(* ===== verification/_CoqProject ===== *)
-Q . S2P
Prelude.v
Scheduler.v
Bitfield.v
Ranges.v
PartialQueue.v
Rate.v
ChunkStatistics.v
ChunkSelector.v
Object.v
Bencode.v
BencodeWrite.v
StaticMap.v
ProtocolBase.v
Throttle.v
Block.v
TransferList.v
Delegator.v
RequestList.v
SocketAddress.v
Utils.v
Dht.v
DhtRouter.v
DhtSearch.v
ChokeQueue.v
ResourceManager.v
Tracker.v
TrackerController.v
TrackerProgress.v
ChunkList.v
FileManager.v
FileList.v
Encryption.v
Proxy.v
PeerList.v
ConnectionList.v
Extensions.v
Handshake.v
HandshakeProgress.v
HandshakeManager.v
