(* ===== verification/Prelude.v ===== *)
(** * libtorrent: a Rocq verification library

    libtorrent is the BitTorrent library behind rtorrent.  This development
    models the part of it that decides what is downloaded from whom and how
    the data and the messages are represented, and proves that it is correct.
    All paths below are relative to the repository's src/ directory.

    ** The program and its parts

    A download knows which chunks it has and wants ([ChunkSelector]) and how
    many peers have each of them ([ChunkStatistics]); both work on bit fields
    ([Bitfield]), priority ranges ([Ranges]) and a small queue of candidates by
    rarity ([PartialQueue]).  When a connection wants work, its [RequestList]
    asks the [Delegator], which takes blocks of pieces in progress from the
    [TransferList] and has the selector start new pieces.  A piece in progress
    is a [BlockList] of [Block]s; a block keeps a [BlockTransfer] for every
    peer that was asked for it, one of which leads.  The transfers are shared
    between the blocks and the request lists.  A finished piece is hashed;
    when the hash fails the [TransferList] tries the most popular version of
    every block and finds the peers to blame.  The messages of the peers are
    decoded and encoded by [ProtocolBase]; all other data, from torrent files
    to tracker and DHT replies, is bencoded ([Object] and the readers and
    writers of it).  What may be sent and received is limited by the
    [Throttle] tree, and measured by [Rate].  Which peers may download from us,
    and from which we want to download, is decided by a [ChokeQueue] per choke
    group, which shares its slots between the downloads of the group; the
    [ResourceManager] shares the slots of the client between the groups.  Peers
    are known by their [SocketAddress]; they come from trackers as an
    [AddressList] and from the DHT, whose [DhtRouter] keeps a table of
    [DhtBucket]s of [DhtNode]s around its own identifier and a [DhtTracker] of
    peers for each torrent announced to it.  The [TrackerController] of a
    download decides when which of the [Tracker]s of its list is asked.  The
    bytes of a download are those of the files of its [FileList], which lays
    them out over the chunks, counts what is done and keeps the priorities; the
    [FileManager] keeps the number of open files within its limit and gives
    descriptors to a thread that closes them ([FdCloseQueue]).  Chunks in use
    are mapped into memory by a [ChunkList] and written back under the budget
    of a manager.  Timers of all of these are entries of a [Scheduler].

    A new connection, to an address of the [AvailableList] or from outside,
    starts as a [Handshake]: through a [Proxy] if there is one, with an
    [Encryption] agreed on or not, up to the exchange of the bit fields and of
    the [Extensions] both sides have.  The [HandshakeManager] keeps the
    handshakes, tries a failed one a second time and hands a finished one over
    to the [ConnectionList] of the download, whose [PeerList] has what is known
    of each peer.  Extension and DHT messages are read and written with fixed
    tables of keys ([StaticMap]).

    ** Files, and the code they model

    - Prelude.v: outcomes of C++ code, machine integers, lists, tactics.
    - Scheduler.v: Modules [SchedulerEntry] and [Scheduler] for the calls of
      torrent/system/scheduler.cc on one entry, and on the heap of all.
    - Bitfield.v: torrent/bitfield.cc, bitfield.h.
    - Ranges.v: torrent/utils/ranges.h.
    - PartialQueue.v: utils/partial_queue.h.
    - Rate.v: torrent/rate.cc, rate.h.
    - ChunkStatistics.v: download/chunk_statistics.cc, protocol/peer_chunks.h.
    - ChunkSelector.v: download/chunk_selector.cc.
    - Object.v: torrent/object.cc, object.h, object_raw_bencode.h.
    - Bencode.v: the readers from memory of torrent/object_stream.cc.
    - BencodeWrite.v: the writers of torrent/object_stream.cc.
    - StaticMap.v: torrent/object_static_map.h and the static map reader and
      writer of torrent/object_stream.cc.
    - ProtocolBase.v: net/protocol_buffer.h, protocol/protocol_base.h,
      torrent/data/piece.h and the decoding of messages in
      protocol/peer_connection_leech.cc.
    - Throttle.v: Module [ThrottleList] for net/throttle_list.cc and
      throttle_node.h, Module [Throttle] for net/throttle_internal.cc and
      torrent/throttle.cc.
    - Block.v: Modules [BlockTransfer], [BlockFailed] and [Block] for
      torrent/data/block_transfer.h, block_failed.h, block.cc and the transfer
      counter of torrent/peer/peer_info.h.
    - TransferList.v: Modules [BlockList], [ChunkData] and [TransferList] for
      torrent/data/block_list.cc, the buffer functions of data/chunk.cc, and
      torrent/data/transfer_list.cc.
    - Delegator.v: download/delegator.cc and the slots that
      download/download_main.cc binds to the chunk selector.
    - RequestList.v: Modules [QueueBuckets] and [RequestList] for
      utils/queue_buckets.h and protocol/request_list.cc.
    - SocketAddress.v: Modules [SocketAddress], [SocketAddressKey] and
      [AddressList] for torrent/net/socket_address.cc, socket_address_key.h and
      net/address_list.cc.
    - Utils.v: torrent/utils/string_manip.h, string_manip.cc, uri_parser.cc,
      option_strings.cc and extents.h.
    - Dht.v: Modules [HashString], [DhtNode], [DhtBucket] and [DhtTracker] for
      torrent/hash_string.h, dht/dht_node.cc, dht_bucket.cc and dht_tracker.cc.
    - DhtRouter.v: dht/dht_router.cc.
    - DhtSearch.v: Module [DhtSearch] for dht/transactions/dht_search.cc and
      dht_announce.cc, Module [DhtTransaction] for the queries of searches in
      dht/dht_transaction.cc, Module [SearchActivity] for the part of
      dht/dht_server.cc that drives them.
    - ChokeQueue.v: Modules [GroupEntry], [AllocateSlots] and [ChokeQueue] for
      torrent/download/group_entry.h, torrent/download/choke_queue.cc,
      torrent/peer/choke_status.h and the choke calls of
      protocol/peer_connection_base.cc.
    - ResourceManager.v: torrent/download/resource_manager.cc, choke_group.h.
    - Tracker.v: torrent/tracker/tracker_state.cc, tracker.cc,
      tracker/tracker_list.cc and what the list sees of tracker_worker.cc.
    - TrackerController.v, TrackerProgress.v: tracker/tracker_controller.cc, and
      the theorems on when it asks.
    - ChunkList.v: Modules [MemoryManager] and [ChunkList] for
      torrent/runtime/memory_manager.cc, data/chunk_list.cc, chunk_list_node.h,
      chunk_handle.h and chunk_manager.cc.
    - FileManager.v: Modules [Path], [File], [FileManager] and [FdCloseQueue] for
      torrent/path.cc, torrent/data/file.cc, file_manager.cc,
      utils/fd_close_queue.cc and the opening of data/socket_file.cc.
    - FileList.v: Modules [DownloadData] and [FileList] for
      torrent/data/download_data.cc, file_list.cc, the mapping of
      data/socket_file.cc and the priorities of download/download_wrapper.cc.
    - Encryption.v: Modules [EncryptionPolicy], [DiffieHellman],
      [EncryptionInfo] and [HandshakeEncryption] for protocol/encryption_policy.cc,
      encryption_info.h, handshake_encryption.cc and utils/diffie_hellman.cc.
    - Proxy.v: net/proxy/proxy_http.cc and proxy_socks5.cc.
    - PeerList.v: Modules [PeerInfo], [AvailableList] and [PeerList] for
      torrent/peer/peer_info.h, download/available_list.cc and
      torrent/peer/peer_list.cc.
    - ConnectionList.v: torrent/peer/connection_list.cc.
    - Extensions.v: protocol/extensions.cc.
    - Handshake.v: Module [Handshake] for protocol/handshake.cc, Module
      [HandshakeRun] for runs of it.
    - HandshakeProgress.v: reading a handshake ends; the partial triples of the
      handlers.
    - HandshakeManager.v: protocol/handshake_manager.cc.

    ** How the code is modelled

    A class is a record of its members, with their names; a method is a
    function that takes the record and returns the new one.  An operation ends
    in [Ok], in [Throw] with the exception, or in [UB], where the C++ standard
    leaves the behaviour undefined (an access out of range, a null or [end()]
    dereference, a signed overflow, a failed assertion); the three are the
    monad [res].  An n-bit unsigned integer is a [Z], and each place where the
    code computes at that width wraps explicitly ([u8] to [u64], [s32]).

    Objects that are shared, the transfers of blocks, live in a store with
    names ([BlockTransfer.Heap]); a pointer to a block is its address, the
    index of its piece and its place in it.  An iterator is a position.

    What comes from outside is an argument: the clock, the values of
    [random()], the sizes of chunks, the bytes of a chunk, the byte order of
    the machine ([SocketAddress.ByteOrder]), the digest of the DHT's tokens,
    the conversions of addresses to and from text, the signedness of char
    ([Utils.CharSign]), the calls of the file system and what they answer
    ([FileManager.environment], [FileList.fs_env]), what mapping and syncing a
    chunk answers, and [std::sort] and the heap functions, of which
    [ChokeQueue.Sorter] and [Scheduler.HeapOps] state what the standard
    promises.  Callbacks into
    parts that are not modelled are recorded in a trace (the slots of
    [TransferList], the activations of [ThrottleList], cancel messages, the
    requests of the DHT router to its server).  The
    callbacks of the delegator to the chunk selector are a type class,
    [Delegator.ChunkSource], with the promise [Delegator.ChunkSourceOk]; the
    delegator is verified against the promise and
    [Delegator.selector_keeps_promise] shows that the selector keeps it.  In
    the same way [BencodeWrite.Sink] is the promise of the functions that take
    the writer's full buffer, and [Encryption.Crypto] with its laws is what the
    key exchange expects of the cryptographic library.  The handlers of a
    handshake run in a monad of their own, [Handshake.M], in which an exception
    keeps the state it was raised in; the socket is a script of what it answers.

    Loops are structural where the code walks over a container.  Where it does
    not they have fuel, and a theorem shows that it suffices: the bencode
    readers use the length of the input (each turn consumes a byte), the scan
    of a bit field the number of its bytes, the cached candidates of the
    selector the size of the queue, the new pieces of the delegator the number
    of requests asked for (each new piece gives one).  A node is added to the
    DHT table with fuel for 162 rounds: each round but the last splits the
    router's own bucket, whose range is a power of two below 2^160.  The cache
    of a bucket visits each bucket of the chain once.  The slot allocation of a
    choke queue has 5 rounds of sharing, since each but the last fills one of
    the four orders, and a visit of every order for each slot that is left.  The
    loops of the scheduler take as many turns as its heap has entries, those of
    the tracker groups as many as there are trackers, those over characters as
    many as the string has, the partition of the sync queue as many as the queue
    has chunks and the round over the chunk lists as many as there are lists.  A
    file list is opened at most twice, since with its size known it is not opened
    again.  Running out of fuel is [UB], so the theorems that an operation
    returns exclude it.

    ** What the theorems show

    - Data structures: every operation keeps a bit field well formed, its
      cached count included, and the fast population count and the masked
      search agree with their definitions bit by bit; the range operations are
      union, difference and counting on the sets they stand for; the partial
      queue returns the rarest first; the rate is the average of a window.
    - Choice of chunks: the rarity of every chunk is the number of accounted
      peers that have it, after any sequence of connects, disconnects and HAVE
      messages; the selector always answers, with a chunk that the peer has
      and nobody has started, or none for a stated reason.
    - Requests: the invariant that ties blocks, transfers and peers' counters
      is kept by every call on a block; a piece is cut into blocks without gap
      or overlap and is done when all blocks are; the delegator hands out only
      new requests for blocks of pieces the peer has, and nothing else; every
      call of a connection keeps its request list in agreement with the
      blocks; what an incoming piece leads to is stated case by case.
    - Failed hashes: after the first failure the chunk holds the most often
      seen version of every block.
    - Representation: the bencode reader is total on input with bounded
      numbers, accepts the canonical encoding and agrees with the skipper; the
      writer produces that encoding however often its buffer fills up, and the
      round trip is the identity; the messages of the wire protocol round trip
      in sequence, and an incomplete message is left alone; the object
      dictionary refines a finite map.
    - Throttling: every call on a throttle list moves the total quota by
      exactly what it reports, and a tick of the tree creates no quota.
    - Choking: every call of a connection, a download or a queue keeps the
      connections' status, the lists of the downloads, the counts of the queues
      and the counter of the manager in agreement and never throws; the slot
      allocation is exact; a cycle ends within quota and limit; in every
      reachable state of the resource manager its calls succeed, and a tick
      ends within the global limits.
    - DHT: the buckets stay aligned blocks that cover all identifiers once, with
      at most eight nodes that point back to them, through every call on the
      router; adding a node ends; a query is answered with the first eight good
      nodes along the chain; a token is good for two rounds; a table of peers
      stays within its size and replaces an oldest peer.
    - DHT searches: closeness is the distance by exclusive or; a search asks the
      closest node it has not asked and no node twice; replies, timeouts and
      errors in any order are handled without an exception, with at most three
      queries that have not stalled; a query gets the first free number.
    - Trackers: an active controller that has a usable tracker asks again within
      its interval, however the replies come; in every reachable state each step
      of the controller returns, and it is silent only in states that are named.
    - Timers: the heap of the scheduler implements the set of its entries, and
      performing what is due ends and runs exactly what is due.
    - Chunks in memory: however the calls on chunk lists interleave none of them
      throws, the counters of a chunk agree with its handles and the queue, and
      the accounted memory with what is mapped; closing releases everything; a
      forced sync tries every chunk of the queue.
    - Files: however a list is split and merged its files tile the torrent;
      mapping a chunk gives the stretches of the files it consists of; opening
      is all or nothing; the chunks done and wanted are counted; the bytes done
      and left add up; no more files are open than the limit allows; whatever the
      interleaving, every descriptor is closed once and no wake-up is lost.
    - New connections: any extension message is handled without misuse of
      memory and without an internal error, and a static map is read within its
      stack, key buffer and table; the two ends of a key exchange have the same
      keys and what one encrypts the other decrypts; the reply of a proxy is
      taken up to its last byte and not further; whatever arrives, the reader of
      a handshake ends; a failed handshake is tried at most once more.
    - Peers: a connection gets a peer that no other connection has; closing
      connections, at once or from the queue, closes exactly those and frees
      their peers; the addresses to connect to stay within their limit; culling
      removes exactly the peers that are of no use.
    - Addresses: the order is that of the bytes on the wire on any machine; the
      v4-mapped form and the compact lists round trip; sorting removes exactly
      the duplicates; parsing a tracker's list never throws.
    - Behaviour that differs from what the code means to do, each on a
      concrete or general input: a dissimilar transfer that breaks the
      completion of its block, a first hash failure that hashes the same data
      again, the peer blamed for a piece of one block, a minus sign without
      digits, a truncated string, a chunk that is too common to be selected,
      merging into an empty dictionary, raw lists taken for raw maps, the
      loopback test of a v4-mapped address, keys that do not sort lexically, a
      DHT restarted without contacts, a node counted as good and as bad, a
      contact read past its end, a choke group pushed after the last download
      was erased, a quota that wraps below zero, a lookup past the last extent,
      hexadecimal that is not checked where char is unsigned, three ways in which
      a tracker controller falls silent, a chunk refused while memory is free, a
      range that is synced although it was left out, names of a path in reverse,
      a cache of open files that holds closed and destroyed ones, a wait for the
      wrong number of descriptors, a file that counts the chunk before it, two
      empty directories taken for one file, positions cut off at 4 GiB, a second
      attempt of a handshake that cannot be set up, handshakes that raise an
      internal error on a PORT message or on data that came early, an encrypted
      bit field of which parts are sent twice and then read out of bounds, a
      plain stream where encryption is required, peers that stay flagged or keep
      pointing at a connection that is gone, a piece of metadata that is left
      empty, a search of the DHT that refers to itself and is never released.

    ** Bounds

    Theorems that need them state them: sizes of pieces and blocks whose sum
    fits 32 bits, counters below their last value, numbers of at most 18 digits
    for the bencode reader, at most 1024 levels of nesting for the round trip,
    a clock after 1971 for the scheduler's checks and below 2^32 - 1 seconds for
    the DHT, fewer than 2^30 connections and 2^16 choke groups, fewer than 2^31
    handles of a chunk, between 4 and 65536 open files, torrents below 2^60
    bytes with at most 2^32 - 8 chunks.

    ** What is not modelled

    Sockets, polling, the file system, memory mapping and threads are the
    operating system's; ciphers, digests, HTTP and name resolution come from libraries.
    Logging and instrumentation have no effect on the modelled state.  The
    reader of bencode from [std::istream] is left out, as are the names of
    clients and the timeout task of a handshake.  Of a connection the decoding
    of messages, the request list, the choke calls and the extensions are
    modelled, not its reaction to each message.

    ** Plan

    What could follow: the reactions of the peer connections to the decoded
    messages on top of [RequestList], [ProtocolBase] and [ChokeQueue]; initial
    seeding; the messages of the DHT server; the queues of chunks to be hashed;
    the workers of HTTP and UDP trackers. *)

From stdpp Require Export base tactics numbers list gmap strings sorting.
From Stdlib Require Export ZArith Lia Bool.

#[global] Open Scope Z_scope.

(** ** Outcomes of C++ code

    A modelled operation ends in one of three ways: it returns a value, it
    throws one of the library's exceptions, or it runs into behaviour the C++
    standard leaves undefined (an access outside an array, a null or [end()]
    dereference, a signed overflow).  The third outcome is explicit, so that
    its absence is a theorem and never a convention. *)

Inductive exn :=
  | bencode_error
  | internal_error
  | communication_error
  | input_error
  | logic_error
  | out_of_range
  | bad_function_call
  | storage_error.

Inductive res (A : Type) :=
  | Ok (a : A)
  | Throw (e : exn)
  | UB.
Arguments Ok {A} a.
Arguments Throw {A} e.
Arguments UB {A}.

#[global] Instance exn_eq_dec : EqDecision exn.
Proof. solve_decision. Defined.

#[global] Instance res_ret : MRet res := fun A a => Ok a.
#[global] Instance res_bind : MBind res := fun A B f m =>
  match m with
  | Ok a => f a
  | Throw e => Throw e
  | UB => UB
  end.

Definition throw_when (b : bool) (e : exn) : res unit :=
  if b then Throw e else Ok tt.

Definition ub_when (b : bool) : res unit := if b then UB else Ok tt.

(** Reading through a pointer or index: [None] is an access out of range. *)
Definition of_deref {A} (o : option A) : res A :=
  match o with Some a => Ok a | None => UB end.

Definition res_value {A} (d : A) (r : res A) : A :=
  match r with Ok a => a | _ => d end.

Lemma bind_ok {A B} (m : res A) (f : A -> res B) b :
  (m ≫= f) = Ok b <-> exists a, m = Ok a /\ f a = Ok b.
Proof.
  destruct m; simpl; split.
  - eauto.
  - intros (? & [= ->] & ?). done.
  - intros H. discriminate H.
  - intros (? & H & _). discriminate H.
  - intros H. discriminate H.
  - intros (? & H & _). discriminate H.
Qed.

Lemma throw_when_ok b e u : throw_when b e = Ok u <-> b = false.
Proof. destruct b, u; simpl; split; congruence. Qed.

Lemma ub_when_ok b u : ub_when b = Ok u <-> b = false.
Proof. destruct b, u; simpl; split; congruence. Qed.

Lemma of_deref_ok {A} (o : option A) a : of_deref o = Ok a <-> o = Some a.
Proof. destruct o; simpl; split; congruence. Qed.

(** [res_inv] decomposes every hypothesis that says a composed operation
    returned: one equation for each call, the guards as equations on [bool]. *)
Ltac res_inv_step :=
  match goal with
  | H : (_ ≫= _) = Ok _ |- _ =>
      apply bind_ok in H; let x := fresh "v" in let E := fresh "E" in
      destruct H as (x & E & H)
  | H : throw_when _ _ = Ok _ |- _ => apply throw_when_ok in H
  | H : ub_when _ = Ok _ |- _ => apply ub_when_ok in H
  | H : of_deref _ = Ok _ |- _ => apply of_deref_ok in H
  | H : Ok _ = Ok _ |- _ => injection H as H
  | H : mret _ = Ok _ |- _ => injection H as H
  | H : Throw _ = Ok _ |- _ => discriminate H
  | H : UB = Ok _ |- _ => discriminate H
  | u : unit |- _ => destruct u
  end.
Ltac res_inv := repeat (res_inv_step; simplify_eq).

(** Two runs of the same call have the same result. *)
Ltac res_det :=
  repeat match goal with
  | H1 : ?t = Ok ?a, H2 : ?t = Ok ?b |- _ =>
      rewrite H1 in H2; injection H2 as H2; simplify_eq
  end.

(** Reduces the monadic plumbing and nothing else. *)
Ltac res_simpl :=
  cbn [mbind res_bind of_deref throw_when ub_when mret res_ret] in *.

(** [case_bool] splits on the first boolean test of the goal or a hypothesis
    and turns the tests on [Z] into propositions. *)
Ltac bool_prop :=
  repeat match goal with
  | H : (_ && _)%bool = true |- _ => apply andb_true_iff in H; destruct H
  | H : (_ || _)%bool = false |- _ => apply orb_false_iff in H; destruct H
  | H : negb _ = true |- _ => apply negb_true_iff in H
  | H : negb _ = false |- _ => apply negb_false_iff in H
  | H : (_ =? _) = true |- _ => apply Z.eqb_eq in H
  | H : (_ =? _) = false |- _ => apply Z.eqb_neq in H
  | H : (_ <? _) = true |- _ => apply Z.ltb_lt in H
  | H : (_ <? _) = false |- _ => apply Z.ltb_ge in H
  | H : (_ <=? _) = true |- _ => apply Z.leb_le in H
  | H : (_ <=? _) = false |- _ => apply Z.leb_gt in H
  end.
Ltac case_bool :=
  match goal with
  | |- context [if ?b then _ else _] => destruct b eqn:?; bool_prop
  | H : context [if ?b then _ else _] |- _ => destruct b eqn:?; bool_prop
  end.

(** Closes [Forall P [a; b; ...]] from the facts about the elements. *)
Ltac forall_list := repeat (apply Forall_cons; split); first [ assumption | apply Forall_nil; exact I ].

(** ** Machine integers

    A w-bit unsigned integer is a [Z] and every place where the code computes
    at width w wraps explicitly. *)

Definition u8 (z : Z) : Z := z mod 2 ^ 8.
Definition u16 (z : Z) : Z := z mod 2 ^ 16.
Definition u32 (z : Z) : Z := z mod 2 ^ 32.
Definition u64 (z : Z) : Z := z mod 2 ^ 64.
(** Conversion of an unsigned value to [int32_t] (two's complement). *)
Definition s32 (z : Z) : Z := (z + 2 ^ 31) mod 2 ^ 32 - 2 ^ 31.

Definition is_u8 (z : Z) : Prop := 0 <= z < 2 ^ 8.
Definition is_u32 (z : Z) : Prop := 0 <= z < 2 ^ 32.
Definition is_u64 (z : Z) : Prop := 0 <= z < 2 ^ 64.
Definition is_s64 (z : Z) : Prop := - 2 ^ 63 <= z < 2 ^ 63.

Definition b2z (b : bool) : Z := if b then 1 else 0.

Lemma u8_small z : 0 <= z < 2 ^ 8 -> u8 z = z.
Proof. apply Z.mod_small. Qed.
Lemma u16_small z : 0 <= z < 2 ^ 16 -> u16 z = z.
Proof. apply Z.mod_small. Qed.
Lemma u32_small z : 0 <= z < 2 ^ 32 -> u32 z = z.
Proof. apply Z.mod_small. Qed.
Lemma u64_small z : 0 <= z < 2 ^ 64 -> u64 z = z.
Proof. apply Z.mod_small. Qed.
Lemma s32_small z : - 2 ^ 31 <= z < 2 ^ 31 -> s32 z = z.
Proof. intros Hz. unfold s32. rewrite Z.mod_small; lia. Qed.
Lemma u8_range z : 0 <= u8 z < 2 ^ 8.
Proof. apply Z.mod_pos_bound. lia. Qed.
Lemma u16_range z : 0 <= u16 z < 2 ^ 16.
Proof. apply Z.mod_pos_bound. lia. Qed.
Lemma u32_range z : 0 <= u32 z < 2 ^ 32.
Proof. apply Z.mod_pos_bound. lia. Qed.
Lemma u64_range z : 0 <= u64 z < 2 ^ 64.
Proof. apply Z.mod_pos_bound. lia. Qed.

Create HintDb width.
#[export] Hint Resolve u8_range u16_range u32_range u64_range : width.

(** [width] removes the wrap-around of a computation that stays in range. *)
Ltac width :=
  repeat first [ rewrite u8_small by lia | rewrite u16_small by lia
               | rewrite u32_small by lia | rewrite u64_small by lia ].

Lemma land_pow2 b n : 0 <= n -> negb (Z.land b (2 ^ n) =? 0) = Z.testbit b n.
Proof.
  intros Hn. destruct (Z.testbit b n) eqn:E.
  - apply negb_true_iff, Z.eqb_neq. intros H0.
    assert (Z.testbit (Z.land b (2 ^ n)) n = true) as Ht
      by (rewrite Z.land_spec, E, Z.pow2_bits_true by lia; done).
    by rewrite H0, Z.testbit_0_l in Ht.
  - apply negb_false_iff, Z.eqb_eq, Z.bits_inj. intros k.
    rewrite Z.land_spec, Z.testbit_0_l, Z.pow2_bits_eqb by lia.
    destruct (Z.eqb_spec n k); [by subst; rewrite E|apply andb_false_r].
Qed.

Lemma high_bits_zero k a l : 0 <= k -> 0 <= a < 2 ^ k -> k <= l -> Z.testbit a l = false.
Proof. intros Hk Ha Hl. apply (Z.bounded_iff_bits_nonneg k a); lia. Qed.

Lemma is_u8_lxor a b : is_u8 a -> is_u8 b -> is_u8 (Z.lxor a b).
Proof.
  unfold is_u8. intros Ha Hb. assert (0 <= Z.lxor a b) by (apply Z.lxor_nonneg; lia).
  split; [done|]. apply Z.bounded_iff_bits_nonneg; [lia..|]. intros l Hl.
  rewrite Z.lxor_spec, !(high_bits_zero 8) by lia. done.
Qed.

Lemma is_u8_lor a b : is_u8 a -> is_u8 b -> is_u8 (Z.lor a b).
Proof.
  unfold is_u8. intros Ha Hb. assert (0 <= Z.lor a b) by (apply Z.lor_nonneg; lia).
  split; [done|]. apply Z.bounded_iff_bits_nonneg; [lia..|]. intros l Hl.
  rewrite Z.lor_spec, !(high_bits_zero 8) by lia. done.
Qed.

Lemma is_u8_land a b : is_u8 a -> 0 <= b -> is_u8 (Z.land a b).
Proof.
  unfold is_u8. intros Ha Hb. assert (0 <= Z.land a b) by (apply Z.land_nonneg; lia).
  split; [done|]. apply Z.bounded_iff_bits_nonneg; [lia..|]. intros l Hl.
  rewrite Z.land_spec, (high_bits_zero 8 a) by lia. done.
Qed.

Lemma u32_add_l a b : u32 (u32 a + b) = u32 (a + b).
Proof. unfold u32. apply Zplus_mod_idemp_l. Qed.

(** ** Lists *)

Definition zlen {A} (l : list A) : Z := Z.of_nat (length l).

Lemma zlen_nonneg {A} (l : list A) : 0 <= zlen l.
Proof. unfold zlen. lia. Qed.

Definition zlookup {A} (l : list A) (i : Z) : option A :=
  if 0 <=? i then l !! Z.to_nat i else None.

Definition zinsert {A} (i : Z) (a : A) (l : list A) : list A :=
  if 0 <=? i then <[Z.to_nat i := a]> l else l.

Lemma zlookup_nat {A} (l : list A) (i : nat) : zlookup l (Z.of_nat i) = l !! i.
Proof. unfold zlookup. rewrite (proj2 (Z.leb_le _ _)) by lia. by rewrite Nat2Z.id. Qed.

Lemma zlookup_lt_is_Some {A} (l : list A) i : 0 <= i < zlen l -> is_Some (zlookup l i).
Proof.
  unfold zlookup, zlen. intros. rewrite (proj2 (Z.leb_le _ _)) by lia.
  apply lookup_lt_is_Some. lia.
Qed.

Lemma zinsert_nat {A} (l : list A) (i : nat) a : zinsert (Z.of_nat i) a l = <[i := a]> l.
Proof. unfold zinsert. rewrite (proj2 (Z.leb_le _ _)) by lia. by rewrite Nat2Z.id. Qed.

Lemma zlen_zinsert {A} (l : list A) i a : zlen (zinsert i a l) = zlen l.
Proof. unfold zinsert, zlen. destruct (0 <=? i); [by rewrite length_insert|done]. Qed.

Lemma zlookup_zinsert_eq {A} (l : list A) i a :
  0 <= i < zlen l -> zlookup (zinsert i a l) i = Some a.
Proof.
  unfold zlookup, zinsert, zlen. intros. rewrite (proj2 (Z.leb_le 0 i)) by lia.
  apply list_lookup_insert_eq. lia.
Qed.

Lemma zlookup_zinsert_ne {A} (l : list A) i j a :
  i <> j -> zlookup (zinsert i a l) j = zlookup l j.
Proof.
  unfold zlookup, zinsert. intros. destruct (0 <=? j) eqn:E, (0 <=? i) eqn:E2; try done.
  bool_prop. apply list_lookup_insert_ne. lia.
Qed.

Lemma zlookup_fmap {A B} (f : A -> B) (l : list A) i : zlookup (f <$> l) i = f <$> zlookup l i.
Proof. unfold zlookup. destruct (0 <=? i); [apply list_lookup_fmap|done]. Qed.

Lemma zlookup_Some_lt {A} (l : list A) i a : zlookup l i = Some a -> 0 <= i < zlen l.
Proof.
  unfold zlookup, zlen. destruct (0 <=? i) eqn:E; [|done]. bool_prop.
  intros H. apply lookup_lt_Some in H. lia.
Qed.

Definition count {A} (f : A -> bool) (l : list A) : nat :=
  length (List.filter f l).

Lemma count_app {A} (f : A -> bool) l k : count f (l ++ k) = (count f l + count f k)%nat.
Proof. unfold count. by rewrite List.filter_app, length_app. Qed.

Lemma count_nil {A} (f : A -> bool) : count f [] = 0%nat.
Proof. reflexivity. Qed.

Lemma count_cons {A} (f : A -> bool) a l :
  count f (a :: l) = ((if f a then 1 else 0) + count f l)%nat.
Proof. unfold count. simpl. by destruct (f a). Qed.

Lemma count_fmap {A B} (f : B -> bool) (g : A -> B) l :
  count f (g <$> l) = count (fun a => f (g a)) l.
Proof. induction l; [done|]. rewrite fmap_cons, !count_cons. lia. Qed.

Lemma count_ext {A} (f g : A -> bool) l :
  Forall (fun a => f a = g a) l -> count f l = count g l.
Proof. induction 1 as [|a l Ha _ IH]; [done|]. by rewrite !count_cons, Ha, IH. Qed.

Lemma count_le {A} (f : A -> bool) l : (count f l <= length l)%nat.
Proof. induction l; [done|]. rewrite count_cons. simpl. destruct (f a); lia. Qed.

Lemma count_insert {A} (f : A -> bool) (l : list A) i a b :
  l !! i = Some a ->
  (count f (<[i := b]> l) + (if f a then 1 else 0) =
   count f l + (if f b then 1 else 0))%nat.
Proof.
  revert i. induction l as [|x l IH]; intros [|i] H; simplify_eq/=.
  - rewrite !count_cons. lia.
  - rewrite !count_cons. specialize (IH i H). lia.
Qed.

Lemma count_true_all {A} (f : A -> bool) l :
  count f l = length l <-> Forall (fun a => f a = true) l.
Proof.
  induction l as [|x l IH]; simpl.
  - split; constructor.
  - rewrite count_cons, Forall_cons, <- IH. pose proof (count_le f l).
    destruct (f x); split; intros; destruct_and?; try split; (lia || done).
Qed.

Lemma count_zero {A} (f : A -> bool) l :
  count f l = 0%nat <-> Forall (fun a => f a = false) l.
Proof.
  induction l as [|x l IH]; simpl.
  - split; constructor.
  - rewrite count_cons, Forall_cons, <- IH.
    destruct (f x); split; intros; destruct_and?; try split; (lia || done).
Qed.

(** [std::find_if] on a range, as the elements before the iterator it returns
    and the elements from it on. *)
Fixpoint find_split {A} (p : A -> bool) (l : list A) : list A * list A :=
  match l with
  | [] => ([], [])
  | a :: l' =>
      if p a then ([], l)
      else let '(pre, post) := find_split p l' in (a :: pre, post)
  end.

Lemma find_split_app {A} (p : A -> bool) l :
  fst (find_split p l) ++ snd (find_split p l) = l.
Proof.
  induction l as [|a l IH]; [done|]. simpl. destruct (p a); [done|].
  destruct (find_split p l) as [pre post]. simpl in *. by rewrite IH.
Qed.

Lemma find_split_pre {A} (p : A -> bool) l :
  Forall (fun a => p a = false) (fst (find_split p l)).
Proof.
  induction l as [|a l IH]; [constructor|]. simpl. destruct (p a) eqn:E; [constructor|].
  destruct (find_split p l) as [pre post]. by constructor.
Qed.

Lemma find_split_post {A} (p : A -> bool) l a post :
  snd (find_split p l) = a :: post -> p a = true.
Proof.
  induction l as [|b l IH]; [done|]. simpl. destruct (p b) eqn:E; [by intros [= -> ->]|].
  destruct (find_split p l) as [pre post']. simpl in *. done.
Qed.

(** The order of keys, for sorting. *)
Definition key_le {A} (key : A -> Z) (a b : A) : Prop := key a <= key b.
#[global] Instance key_le_dec {A} (key : A -> Z) : RelDecision (key_le key) := fun a b => Z.le_dec (key a) (key b).

#[global] Instance key_le_trans {A} (key : A -> Z) : Transitive (key_le key).
Proof. intros a b c Hab Hbc. unfold key_le in *. lia. Qed.
#[global] Instance key_le_total {A} (key : A -> Z) : Total (key_le key).
Proof. intros a b. unfold key_le. lia. Qed.

(** The integers [first, first + n). *)
Definition zrange (first : Z) (n : nat) : list Z := (fun i => first + Z.of_nat i) <$> seq 0 n.

Lemma zrange_S first n : zrange first (S n) = zrange first n ++ [first + Z.of_nat n].
Proof. unfold zrange. by rewrite seq_S, fmap_app. Qed.

Lemma elem_of_zrange x first n : x ∈ zrange first n <-> first <= x < first + Z.of_nat n.
Proof.
  unfold zrange. rewrite list_elem_of_fmap. setoid_rewrite elem_of_seq. split.
  - intros (i & -> & ?). lia.
  - intros ?. exists (Z.to_nat (x - first)). lia.
Qed.

Lemma count_interval a b first n :
  Z.of_nat (count (fun x => (a <=? x) && (x <? b)) (zrange first n)) =
  Z.max 0 (Z.min (first + Z.of_nat n) b - Z.max first a).
Proof.
  induction n as [|n IH].
  - change (zrange first 0) with (@nil Z). rewrite count_nil. lia.
  - rewrite zrange_S, count_app, Nat2Z.inj_add, IH, count_cons, count_nil.
    destruct (a <=? first + Z.of_nat n) eqn:E1, (first + Z.of_nat n <? b) eqn:E2; bool_prop; simpl; lia.
Qed.

Lemma count_orb {A} (f g : A -> bool) l :
  Forall (fun a => f a && g a = false) l ->
  count (fun a => f a || g a) l = (count f l + count g l)%nat.
Proof.
  induction 1 as [|a l Ha _ IH]; [done|]. rewrite !count_cons, IH.
  destruct (f a), (g a); simpl in *; (done || lia).
Qed.

Lemma count_delete {A} (f : A -> bool) (l : list A) k a :
  l !! k = Some a -> count f l = ((if f a then 1 else 0) + count f (delete k l))%nat.
Proof.
  revert k. induction l as [|b l IH]; intros [|k] H; simplify_eq/=; rewrite !count_cons; [done|].
  rewrite (IH k H). lia.
Qed.

Lemma count_perm {A} (f : A -> bool) l k : l ≡ₚ k -> count f l = count f k.
Proof. induction 1; rewrite ?count_cons; lia. Qed.

Lemma count_impl {A} (f g : A -> bool) l :
  Forall (fun a => f a = true -> g a = true) l -> (count f l <= count g l)%nat.
Proof.
  induction 1 as [|a l Ha _ IH]; [done|]. rewrite !count_cons.
  destruct (f a); [rewrite Ha by done|destruct (g a)]; lia.
Qed.

(** ** Lists of names: taking one out *)

Lemma elem_of_remove (k j : nat) l : j ∈ List.remove Nat.eq_dec k l <-> j ∈ l /\ j <> k.
Proof.
  rewrite !list_elem_of_In. split.
  - apply List.in_remove.
  - intros [? ?]. by apply List.in_in_remove.
Qed.

Lemma NoDup_remove_nat k (l : list nat) : NoDup l -> NoDup (List.remove Nat.eq_dec k l).
Proof.
  induction 1 as [|j l Hj Hn IH]; simpl; [constructor|]. destruct (Nat.eq_dec k j); [done|].
  constructor; [|done]. by rewrite elem_of_remove; intros [? _].
Qed.

Lemma length_remove_nat k (l : list nat) : NoDup l -> k ∈ l ->
  zlen (List.remove Nat.eq_dec k l) = zlen l - 1.
Proof.
  unfold zlen. induction 1 as [|j l Hj Hn IH]; intros Hk; [by apply elem_of_nil in Hk|]. simpl.
  destruct (Nat.eq_dec k j) as [->|Hne].
  - rewrite List.notin_remove by (by rewrite <- list_elem_of_In). lia.
  - simpl. apply elem_of_cons in Hk as [?|Hk]; [done|]. specialize (IH Hk). lia.
Qed.

Lemma count_remove_nat (f : nat -> bool) l k : NoDup l -> k ∈ l ->
  count f l = (count f (List.remove Nat.eq_dec k l) + Nat.b2n (f k))%nat.
Proof.
  induction l as [|j l IH]; intros Hn Hk; [by apply elem_of_nil in Hk|].
  apply NoDup_cons in Hn as [Hj Hn]. simpl. destruct (Nat.eq_dec k j) as [->|Hne].
  - rewrite List.notin_remove by (by rewrite <- list_elem_of_In). rewrite count_cons. destruct (f j); simpl; lia.
  - rewrite !count_cons, IH; [lia|done|]. by apply elem_of_cons in Hk as [?|?].
Qed.
