(* ===== verification/Scheduler.v ===== *)
(** * The scheduler (src/torrent/system/scheduler.cc, scheduler.h)

    A thread's scheduler calls the slots of entries when their times come.
    Module [SchedulerEntry] is what the other components rely on: an entry is
    scheduled for a time or it is not, and the calls check their arguments.
    Module [Scheduler] is the implementation: a heap of handles, of which those
    whose entry was erased or moved stay behind until they are popped.  The
    theorems show that the implementation refines the entries, and that
    [perform] calls what is due, in the order of time.

    Times are microseconds.  [std::ranges::push_heap] and [pop_heap] are the
    interface [HeapOps], with what the standard promises of them. *)

From S2P Require Import Prelude.

(** ** One entry, as its users see it *)
Module SchedulerEntry.

Definition entry : Type := option Z.
Definition seconds (n : Z) : Z := n * 1000000.
Definition days (n : Z) : Z := seconds (n * 86400).

Definition is_scheduled (e : entry) : bool := match e with Some _ => true | None => false end.
Definition time_or_zero (e : entry) : Z := default 0 e.
Definition ceil_seconds (t : Z) : Z := seconds ((t + seconds 1 - 1) ÷ 1000000).
Definition ceil_cast_seconds (t : Z) : Z := (t + seconds 1 - 1) ÷ 1000000.

Definition wait_until (e : entry) (time : Z) : res entry :=
  _ ← throw_when (time =? 0) internal_error;
  _ ← throw_when (time <? days 365) internal_error;
  _ ← throw_when (is_scheduled e) internal_error;
  Ok (Some time).
Definition wait_for (now : Z) (e : entry) (time : Z) : res entry :=
  _ ← throw_when (days (10 * 365) <? time) internal_error;
  wait_until e (now + time).
Definition wait_for_ceil_seconds (now : Z) (e : entry) (time : Z) : res entry :=
  _ ← throw_when (days (10 * 365) <? time) internal_error;
  wait_until e (ceil_seconds (now + time)).

Definition update_wait_until (e : entry) (time : Z) : res entry :=
  _ ← throw_when (time =? 0) internal_error;
  _ ← throw_when (time <? days 365) internal_error;
  Ok (Some time).
Definition update_wait_for (now : Z) (e : entry) (time : Z) : res entry :=
  _ ← throw_when (days (10 * 365) <? time) internal_error;
  update_wait_until e (now + time).
Definition update_wait_for_ceil_seconds (now : Z) (e : entry) (time : Z) : res entry :=
  _ ← throw_when (days (10 * 365) <? time) internal_error;
  update_wait_until e (ceil_seconds (now + time)).

Definition erase (e : entry) : entry := None.

End SchedulerEntry.

(** ** Heaps of the standard library *)

(** The parent of a position has no larger key, so the front has the least. *)
Definition is_heap {A} (key : A -> Z) (l : list A) : Prop :=
  forall i a b, l !! (i / 2)%nat = Some a -> l !! S i = Some b -> key a <= key b.

Class HeapOps := {
  push_heap {A} (key : A -> Z) (l : list A) : list A;
  pop_heap {A} (key : A -> Z) (l : list A) : list A;
  push_heap_spec {A} (key : A -> Z) l a :
    is_heap key l -> is_heap key (push_heap key (l ++ [a])) /\ Permutation (push_heap key (l ++ [a])) (l ++ [a]);
  pop_heap_spec {A} (key : A -> Z) l a :
    is_heap key (a :: l) -> exists l', pop_heap key (a :: l) = l' ++ [a] /\ is_heap key l' /\ Permutation l' l;
}.

Lemma heap_front_least {A} (key : A -> Z) a l b : is_heap key (a :: l) -> b ∈ a :: l -> key a <= key b.
Proof.
  intros Hh (i & Hi)%list_elem_of_lookup. revert b Hi.
  induction i as [[|i] IH] using lt_wf_ind; intros b Hi; [by injection Hi as ->|].
  assert (Hlt : (i / 2 < S i)%nat) by (apply Nat.Div0.div_lt_upper_bound; lia).
  destruct ((a :: l) !! (i / 2)%nat) as [c|] eqn:Ec.
  - specialize (IH _ Hlt _ Ec). specialize (Hh _ _ _ Ec Hi). lia.
  - apply lookup_ge_None in Ec. apply lookup_lt_Some in Hi. lia.
Qed.

(** A heap of keys that agree is a heap. *)
Lemma is_heap_ext {A} (key key' : A -> Z) l : Forall (fun a => key a = key' a) l -> is_heap key l -> is_heap key' l.
Proof.
  intros Hk Hh i a b Ha Hb. rewrite Forall_lookup in Hk.
  rewrite <- (Hk _ _ Ha), <- (Hk _ _ Hb). by eapply Hh.
Qed.

(** ** The scheduler of a thread *)
Module Scheduler.
Import SchedulerEntry.

Record SchedulerHandle := Handle { h_entry : option nat; h_scheduler : nat; h_time : Z }.

(** [SchedulerEntry]: whether it has a slot, and its handle. *)
Record sched_entry := SE { e_valid : bool; e_handle : option nat }.

(** The scheduler [this], and the handles and entries it is given, by name.
    [w_next] is a name that no handle has had. *)
Record world := World {
  w_this : nat;
  m_cached_time : Z;
  m_heap : list nat;
  w_handles : gmap nat SchedulerHandle;
  w_entries : gmap nat sched_entry;
  w_next : nat;
}.

Definition set_heap (l : list nat) (w : world) : world :=
  World (w_this w) (m_cached_time w) l (w_handles w) (w_entries w) (w_next w).
Definition set_handles (hs : gmap nat SchedulerHandle) (w : world) : world :=
  World (w_this w) (m_cached_time w) (m_heap w) hs (w_entries w) (w_next w).
Definition set_cached_time (t : Z) (w : world) : world :=
  World (w_this w) t (m_heap w) (w_handles w) (w_entries w) (w_next w).
Definition set_handle (e : nat) (h : option nat) (w : world) : world :=
  World (w_this w) (m_cached_time w) (m_heap w) (w_handles w)
        (alter (fun en => SE (e_valid en) h) e (w_entries w)) (w_next w).
(** [m_handle->entry = nullptr] *)
Definition forget_entry (h : nat) (w : world) : world :=
  set_handles (alter (fun hd => Handle None (h_scheduler hd) (h_time hd)) h (w_handles w)) w.

Definition time_of (hs : gmap nat SchedulerHandle) (h : nat) : Z :=
  match hs !! h with Some hd => h_time hd | None => 0 end.

Section heap.
Context `{!HeapOps}.

(** A popped handle is destroyed. *)
Definition pop (w : world) : res (nat * world) :=
  let l := pop_heap (time_of (w_handles w)) (m_heap w) in
  h ← of_deref (last l);
  Ok (h, set_heap (removelast l) w).
Definition destroy (h : nat) (w : world) : world := set_handles (delete h (w_handles w)) w.

Definition erase (e : nat) (w : world) : res world :=
  en ← of_deref (w_entries w !! e);
  match e_handle en with
  | None => Ok w
  | Some h =>
    _ ← throw_when (negb (e_valid en)) internal_error;
    hd ← of_deref (w_handles w !! h);
    _ ← throw_when (negb (h_scheduler hd =? w_this w)%nat) internal_error;
    Ok (set_handle e None (forget_entry h w))
  end.

Definition push_entry (e : nat) (time : Z) (w : world) : world :=
  let h := w_next w in
  let hs := <[h := Handle (Some e) (w_this w) time]> (w_handles w) in
  World (w_this w) (m_cached_time w) (push_heap (time_of hs) (m_heap w ++ [h])) hs
        (alter (fun en => SE (e_valid en) (Some h)) e (w_entries w)) (S h).

Definition wait_until (e : nat) (time : Z) (w : world) : res world :=
  _ ← throw_when (time =? 0) internal_error;
  _ ← throw_when (time <? days 365) internal_error;
  en ← of_deref (w_entries w !! e);
  _ ← throw_when (negb (e_valid en)) internal_error;
  _ ← throw_when (bool_decide (is_Some (e_handle en))) internal_error;
  Ok (push_entry e time w).
Definition wait_for (e : nat) (time : Z) (w : world) : res world :=
  _ ← throw_when (days (10 * 365) <? time) internal_error;
  wait_until e (m_cached_time w + time) w.
Definition wait_for_ceil_seconds (e : nat) (time : Z) (w : world) : res world :=
  _ ← throw_when (days (10 * 365) <? time) internal_error;
  wait_until e (ceil_seconds (m_cached_time w + time)) w.

Definition update_wait_until (e : nat) (time : Z) (w : world) : res world :=
  _ ← throw_when (time =? 0) internal_error;
  _ ← throw_when (time <? days 365) internal_error;
  en ← of_deref (w_entries w !! e);
  _ ← throw_when (negb (e_valid en)) internal_error;
  match e_handle en with
  | Some h =>
    hd ← of_deref (w_handles w !! h);
    _ ← throw_when (negb (h_scheduler hd =? w_this w)%nat) internal_error;
    Ok (push_entry e time (forget_entry h w))
  | None => Ok (push_entry e time w)
  end.
Definition update_wait_for (e : nat) (time : Z) (w : world) : res world :=
  _ ← throw_when (days (10 * 365) <? time) internal_error;
  update_wait_until e (m_cached_time w + time) w.
Definition update_wait_for_ceil_seconds (e : nat) (time : Z) (w : world) : res world :=
  _ ← throw_when (days (10 * 365) <? time) internal_error;
  update_wait_until e (ceil_seconds (m_cached_time w + time)) w.

(** The loop of [next_timeout], which pops handles without entry; each turn
    pops one, so the length of the heap is enough fuel. *)
Fixpoint drop_forgotten (fuel : nat) (w : world) : res world :=
  match m_heap w with
  | [] => Ok w
  | h :: _ =>
    hd ← of_deref (w_handles w !! h);
    match h_entry hd with
    | Some _ => Ok w
    | None =>
      match fuel with
      | O => UB
      | S fuel => '(h, w) ← pop w; drop_forgotten fuel (destroy h w)
      end
    end
  end.

Definition next_timeout (max_timeout : Z) (w : world) : res (Z * world) :=
  w ← drop_forgotten (length (m_heap w)) w;
  match m_heap w with
  | [] => Ok (max_timeout, w)
  | h :: _ =>
    hd ← of_deref (w_handles w !! h);
    let timeout := h_time hd - m_cached_time w in
    Ok (if max_timeout <=? timeout then max_timeout else Z.max timeout 0, w)
  end.

(** The loop of [perform]; [slot e] is what the slot of the entry [e] does to
    the scheduler.  The result lists the entries that were called, with the
    times they were scheduled for.  The code destroys a handle at the end of
    its turn; nothing else knows it while the slot runs, so here it goes before. *)
Fixpoint perform (slot : nat -> world -> res world) (fuel : nat) (current_time : Z) (w : world)
    : res (list (nat * Z) * world) :=
  match m_heap w with
  | [] => Ok ([], w)
  | h :: _ =>
    hd ← of_deref (w_handles w !! h);
    if current_time <? h_time hd then Ok ([], w)
    else
      match fuel with
      | O => UB
      | S fuel =>
        '(h, w) ← pop w;
        hd ← of_deref (w_handles w !! h);
        match h_entry hd with
        | None => perform slot fuel current_time (destroy h w)
        | Some e =>
          en ← of_deref (w_entries w !! e);
          _ ← throw_when (negb (e_valid en)) bad_function_call;
          w ← slot e (destroy h (set_handle e None w));
          '(log, w) ← perform slot fuel current_time w;
          Ok ((e, h_time hd) :: log, w)
        end
      end
  end.
End heap.

(** *** What an entry of the scheduler is to its users *)

Definition view (w : world) (e : nat) : entry :=
  en ← w_entries w !! e;
  h ← e_handle en;
  hd ← w_handles w !! h;
  if (h_scheduler hd =? w_this w)%nat then Some (h_time hd) else None.

(** An entry with a slot that is not scheduled elsewhere. *)
Definition own (w : world) (e : nat) : Prop :=
  exists en, w_entries w !! e = Some en /\ e_valid en = true /\
    forall h hd, e_handle en = Some h -> w_handles w !! h = Some hd -> h_scheduler hd = w_this w.

(** Entries and handles point to each other, the handles of this scheduler are
    on the heap once each, and only handles on the heap may be forgotten. *)
Record wf (w : world) : Prop := {
  wf_nodup : NoDup (m_heap w);
  wf_is_heap : is_heap (time_of (w_handles w)) (m_heap w);
  wf_known h : h ∈ m_heap w -> exists hd, w_handles w !! h = Some hd /\ h_scheduler hd = w_this w;
  wf_entry e en h : w_entries w !! e = Some en -> e_handle en = Some h ->
    e_valid en = true /\ exists hd, w_handles w !! h = Some hd /\ h_entry hd = Some e /\
      (h_scheduler hd = w_this w -> h ∈ m_heap w);
  wf_back h hd e : w_handles w !! h = Some hd -> h_entry hd = Some e ->
    exists en, w_entries w !! e = Some en /\ e_handle en = Some h;
  wf_fresh h : is_Some (w_handles w !! h) -> (h < w_next w)%nat;
}.

Inductive call :=
  | c_erase
  | c_wait_until (time : Z)
  | c_wait_for (time : Z)
  | c_wait_for_ceil_seconds (time : Z)
  | c_update_wait_until (time : Z)
  | c_update_wait_for (time : Z)
  | c_update_wait_for_ceil_seconds (time : Z).

Definition run_call `{!HeapOps} (c : call) (e : nat) (w : world) : res world :=
  match c with
  | c_erase => erase e w
  | c_wait_until t => wait_until e t w
  | c_wait_for t => wait_for e t w
  | c_wait_for_ceil_seconds t => wait_for_ceil_seconds e t w
  | c_update_wait_until t => update_wait_until e t w
  | c_update_wait_for t => update_wait_for e t w
  | c_update_wait_for_ceil_seconds t => update_wait_for_ceil_seconds e t w
  end.

(** The same calls on one entry. *)
Definition entry_call (now : Z) (c : call) (e : entry) : res entry :=
  match c with
  | c_erase => Ok (SchedulerEntry.erase e)
  | c_wait_until t => SchedulerEntry.wait_until e t
  | c_wait_for t => SchedulerEntry.wait_for now e t
  | c_wait_for_ceil_seconds t => SchedulerEntry.wait_for_ceil_seconds now e t
  | c_update_wait_until t => SchedulerEntry.update_wait_until e t
  | c_update_wait_for t => SchedulerEntry.update_wait_for now e t
  | c_update_wait_for_ceil_seconds t => SchedulerEntry.update_wait_for_ceil_seconds now e t
  end.

Section proofs.
Context `{!HeapOps}.

Lemma view_Some w e t : wf w -> view w e = Some t ->
  exists en h hd, w_entries w !! e = Some en /\ e_handle en = Some h /\ w_handles w !! h = Some hd /\
    h_entry hd = Some e /\ h_time hd = t /\ h ∈ m_heap w.
Proof.
  intros Hw Hv. unfold view in Hv.
  destruct (w_entries w !! e) as [en|] eqn:He; [|done]. cbn in Hv.
  destruct (e_handle en) as [h|] eqn:Hh; [|done]. cbn in Hv.
  destruct (w_handles w !! h) as [hd|] eqn:Hd; [|done]. cbn in Hv.
  destruct (h_scheduler hd =? w_this w)%nat eqn:Es; [|done]. injection Hv as <-. apply Nat.eqb_eq in Es.
  destruct (wf_entry w Hw e en h He Hh) as (_ & hd' & Hd' & Hb & Hin). rewrite Hd in Hd'. injection Hd' as <-.
  exists en, h, hd. split_and!; auto.
Qed.

(** An entry that has no handle is given one. *)
Lemma push_entry_ok w e en t : wf w -> w_entries w !! e = Some en -> e_valid en = true -> e_handle en = None ->
  let w' := push_entry e t w in
  wf w' /\ view w' e = Some t /\ own w' e /\ (forall e', e' <> e -> view w' e' = view w e').
Proof.
  intros Hw He Hv Hn w'. pose proof (wf_fresh w Hw) as Hf.
  assert (Hnew : w_handles w !! w_next w = None).
  { destruct (w_handles w !! w_next w) eqn:E; [|done]. exfalso.
    specialize (Hf (w_next w) (mk_is_Some _ _ E)). lia. }
  assert (Hold : forall h hd, w_handles w !! h = Some hd ->
    <[w_next w := Handle (Some e) (w_this w) t]> (w_handles w) !! h = Some hd).
  { intros h hd Hh. rewrite lookup_insert_ne; [done|]. intros <-. congruence. }
  destruct (push_heap_spec (time_of (<[w_next w := Handle (Some e) (w_this w) t]> (w_handles w))) (m_heap w) (w_next w)) as [Hheap Hperm].
  { eapply is_heap_ext; [|apply (wf_is_heap w Hw)]. apply Forall_forall. intros h Hin.
    destruct (wf_known w Hw h Hin) as (hd & Hh & _). unfold time_of.
    by rewrite Hh, (Hold h hd Hh). }
  assert (Hin : forall h, h ∈ m_heap w' <-> h = w_next w \/ h ∈ m_heap w).
  { intros h. cbn [w' push_entry m_heap]. rewrite Hperm, elem_of_app, list_elem_of_singleton. tauto. }
  assert (Hent : w_entries w' !! e = Some (SE true (Some (w_next w)))).
  { cbn. by rewrite lookup_alter_eq, He, <- Hv. }
  assert (Hoth : forall e', e' <> e -> w_entries w' !! e' = w_entries w !! e').
  { intros e' Hne. cbn. by rewrite lookup_alter_ne. }
  assert (Hhd : w_handles w' !! w_next w = Some (Handle (Some e) (w_this w) t)) by (cbn; apply lookup_insert_eq).
  split_and!.
  - constructor.
    + cbn [w' push_entry m_heap]. rewrite Hperm. apply NoDup_app. split_and!; [apply (wf_nodup w Hw)| |apply NoDup_singleton].
      intros h Hh Hs%list_elem_of_singleton. subst h. destruct (wf_known w Hw _ Hh) as (hd & ? & _). congruence.
    + exact Hheap.
    + intros h [->|Hh]%Hin; [eauto|]. destruct (wf_known w Hw h Hh) as (hd & Hhh & Hs). exists hd. split; [by apply Hold|done].
    + intros e' en' h He' Hh'. destruct (decide (e' = e)) as [->|Hne].
      * rewrite Hent in He'. injection He' as <-. injection Hh' as <-. split; [done|]. eexists. split_and!; [exact Hhd|done|].
        intros _. apply Hin. by left.
      * rewrite Hoth in He' by done. destruct (wf_entry w Hw e' en' h He' Hh') as (? & hd & Hhh & Hb & Hm).
        split; [done|]. exists hd. split_and!; [by apply Hold|done|]. intros Hs. apply Hin. right. by apply Hm.
    + intros h hd e' Hh Hb. destruct (decide (h = w_next w)) as [->|Hne].
      * rewrite Hhd in Hh. injection Hh as <-. injection Hb as <-. eauto.
      * cbn in Hh. rewrite lookup_insert_ne in Hh by done. destruct (wf_back w Hw h hd e' Hh Hb) as (en' & He' & Hn').
        destruct (decide (e' = e)) as [->|Hne']; [congruence|]. exists en'. by rewrite Hoth.
    + intros h Hs. cbn in Hs |- *. destruct (decide (h = w_next w)) as [->|Hne]; [lia|].
      rewrite lookup_insert_ne in Hs by done. specialize (Hf h Hs). lia.
  - unfold view. rewrite Hent. cbn [e_handle]. simpl. rewrite lookup_insert_eq. simpl. by rewrite Nat.eqb_refl.
  - eexists. split_and!; [exact Hent|done|]. intros h hd [= <-] Hh. rewrite Hhd in Hh. by injection Hh as <-.
  - intros e' Hne. unfold view. rewrite Hoth by done. destruct (w_entries w !! e') as [en'|] eqn:He'; [|done]. simpl.
    destruct (e_handle en') as [h|] eqn:Hh; [|done]. simpl.
    destruct (wf_entry w Hw e' en' h He' Hh) as (_ & hd & Hhh & _). rewrite Hhh. by rewrite (Hold h hd Hhh).
Qed.

(** The handle of an entry is forgotten. *)
Lemma forget_ok w e en h hd : wf w -> w_entries w !! e = Some en -> e_handle en = Some h -> w_handles w !! h = Some hd ->
  let w' := set_handle e None (forget_entry h w) in
  wf w' /\ w_entries w' !! e = Some (SE (e_valid en) None) /\ (forall e', e' <> e -> view w' e' = view w e').
Proof.
  intros Hw He Hn Hh w'.
  assert (Hent : w_entries w' !! e = Some (SE (e_valid en) None)) by (cbn; by rewrite lookup_alter_eq, He).
  assert (Hoth : forall e', e' <> e -> w_entries w' !! e' = w_entries w !! e')
    by (intros e' Hne; cbn; by rewrite lookup_alter_ne).
  assert (Hhoth : forall h', h' <> h -> w_handles w' !! h' = w_handles w !! h')
    by (intros h' Hne; cbn; by rewrite lookup_alter_ne).
  assert (Hhd : w_handles w' !! h = Some (Handle None (h_scheduler hd) (h_time hd))) by (cbn; by rewrite lookup_alter_eq, Hh).
  assert (Hother : forall e' en' h', e' <> e -> w_entries w !! e' = Some en' -> e_handle en' = Some h' -> h' <> h).
  { intros e' en' h' Hne He' Hn' ->. destruct (wf_entry w Hw e' en' h He' Hn') as (_ & hd1 & Hh1 & Hb1 & _).
    destruct (wf_entry w Hw e en h He Hn) as (_ & hd2 & Hh2 & Hb2 & _). congruence. }
  split_and!; [|done|].
  - constructor.
    + apply (wf_nodup w Hw).
    + eapply is_heap_ext; [|apply (wf_is_heap w Hw)]. apply Forall_forall. intros h' _. unfold time_of.
      destruct (decide (h' = h)) as [->|Hne]; [by rewrite Hh, Hhd|by rewrite Hhoth].
    + intros h' Hin. destruct (wf_known w Hw h' Hin) as (hd' & Hh' & Hs).
      destruct (decide (h' = h)) as [->|Hne]; [|exists hd'; by rewrite Hhoth].
      eexists. split; [exact Hhd|]. cbn. congruence.
    + intros e' en' h' He' Hn'. destruct (decide (e' = e)) as [->|Hne]; [rewrite Hent in He'; by injection He' as <-|].
      rewrite Hoth in He' by done. destruct (wf_entry w Hw e' en' h' He' Hn') as (? & hd' & Hh' & Hr).
      split; [done|]. exists hd'. rewrite Hhoth by (by eapply Hother). done.
    + intros h' hd' e' Hh' Hb. destruct (decide (h' = h)) as [->|Hne]; [rewrite Hhd in Hh'; by injection Hh' as <-|].
      rewrite Hhoth in Hh' by done. destruct (wf_back w Hw h' hd' e' Hh' Hb) as (en' & He' & Hn').
      exists en'. rewrite Hoth; [done|]. intros ->. congruence.
    + intros h' Hs. apply (wf_fresh w Hw). destruct (decide (h' = h)) as [->|Hne]; [by rewrite Hh|by rewrite <- Hhoth].
  - intros e' Hne. unfold view. rewrite Hoth by done. destruct (w_entries w !! e') as [en'|] eqn:He'; [|done]. simpl.
    destruct (e_handle en') as [h'|] eqn:Hn'; [|done]. simpl.
    rewrite lookup_alter_ne; [done|]. apply not_eq_sym. by eapply Hother.
Qed.

Lemma push_entry_set_handle e t w : push_entry e t (set_handle e None w) = push_entry e t w.
Proof.
  unfold push_entry, set_handle. cbn. f_equal. by rewrite alter_alter_eq.
Qed.

Lemma view_no_handle w e en : w_entries w !! e = Some en -> e_handle en = None -> view w e = None.
Proof. intros He Hn. unfold view. rewrite He. simpl. by rewrite Hn. Qed.

Lemma view_handle w e en h : wf w -> own w e -> w_entries w !! e = Some en -> e_handle en = Some h ->
  exists hd, w_handles w !! h = Some hd /\ h_scheduler hd = w_this w /\ view w e = Some (h_time hd).
Proof.
  intros Hw (en' & He' & _ & Hs) He Hn. rewrite He in He'. injection He' as <-.
  destruct (wf_entry w Hw e en h He Hn) as (_ & hd & Hh & _). exists hd. split_and!; [done|by eapply Hs|].
  unfold view. rewrite He. simpl. rewrite Hn. simpl. rewrite Hh. simpl. by rewrite (Hs h hd Hn Hh), Nat.eqb_refl.
Qed.

(** What a call promises: the effect on the entry is that of the call on one
    entry, the other entries stay as they are. *)
Definition refines (w : world) (e : nat) (r : res world) (a : res entry) : Prop :=
  match a with
  | Ok x => exists w', r = Ok w' /\ wf w' /\ own w' e /\ view w' e = x /\ (forall e', e' <> e -> view w' e' = view w e')
  | Throw x => r = Throw x
  | UB => False
  end.

Lemma refines_guard w e b x r a : refines w e r a ->
  refines w e (_ ← throw_when b x; r) (_ ← throw_when b x; a).
Proof. by destruct b. Qed.

Lemma wait_until_refines w e t : wf w -> own w e ->
  refines w e (wait_until e t w) (SchedulerEntry.wait_until (view w e) t).
Proof.
  intros Hw Ho. unfold wait_until, SchedulerEntry.wait_until. do 2 apply refines_guard.
  destruct (Ho) as (en & He & Hv & _). rewrite He. cbn [of_deref mbind res_bind]. rewrite Hv. cbn [negb throw_when mbind res_bind].
  destruct (e_handle en) as [h|] eqn:Hn.
  - destruct (view_handle w e en h Hw Ho He Hn) as (hd & _ & _ & ->). done.
  - rewrite (view_no_handle w e en He Hn). cbn. destruct (push_entry_ok w e en t Hw He Hv Hn) as (? & ? & ? & ?).
    eexists. split_and!; done.
Qed.

Lemma update_wait_until_refines w e t : wf w -> own w e ->
  refines w e (update_wait_until e t w) (SchedulerEntry.update_wait_until (view w e) t).
Proof.
  intros Hw Ho. unfold update_wait_until, SchedulerEntry.update_wait_until. do 2 apply refines_guard.
  destruct (Ho) as (en & He & Hv & _). rewrite He. cbn [of_deref mbind res_bind]. rewrite Hv. cbn [negb throw_when mbind res_bind].
  destruct (e_handle en) as [h|] eqn:Hn.
  - destruct (view_handle w e en h Hw Ho He Hn) as (hd & Hh & Hs & _). rewrite Hh. cbn [of_deref mbind res_bind].
    rewrite Hs, Nat.eqb_refl. cbn [negb throw_when mbind res_bind].
    destruct (forget_ok w e en h hd Hw He Hn Hh) as (Hw1 & He1 & Hoth).
    destruct (push_entry_ok _ e _ t Hw1 He1 Hv eq_refl) as (? & ? & ? & Hoth2).
    rewrite push_entry_set_handle in *. eexists. split_and!; [done..|]. intros e' Hne. by rewrite Hoth2, Hoth.
  - destruct (push_entry_ok w e en t Hw He Hv Hn) as (? & ? & ? & ?). eexists. split_and!; done.
Qed.

Lemma erase_refines w e : wf w -> own w e -> refines w e (erase e w) (Ok (SchedulerEntry.erase (view w e))).
Proof.
  intros Hw Ho. unfold erase. destruct (Ho) as (en & He & Hv & _). rewrite He. cbn [of_deref mbind res_bind].
  destruct (e_handle en) as [h|] eqn:Hn.
  - destruct (view_handle w e en h Hw Ho He Hn) as (hd & Hh & Hs & _). rewrite Hv, Hh. cbn [of_deref negb throw_when mbind res_bind].
    rewrite Hs, Nat.eqb_refl. cbn [negb throw_when mbind res_bind].
    destruct (forget_ok w e en h hd Hw He Hn Hh) as (Hw1 & He1 & Hoth).
    eexists. split_and!; [done..| |by eapply view_no_handle|done].
    eexists. split_and!; [exact He1|done|done].
  - exists w. split_and!; [done..|by eapply view_no_handle|done].
Qed.

(** C31: The scheduler implements its entries: every call on an entry with a slot
    that is not scheduled elsewhere returns or throws as the call on the entry
    alone, with the same effect on it and none on any other entry, and keeps
    the heap, the handles and the entries consistent. *)
Theorem scheduler_refines c e w : wf w -> own w e ->
  refines w e (run_call c e w) (entry_call (m_cached_time w) c (view w e)).
Proof.
  intros Hw Ho. destruct c; cbn [run_call entry_call];
    first [ by apply erase_refines | by apply wait_until_refines | by apply update_wait_until_refines
          | apply refines_guard; first [ by apply wait_until_refines | by apply update_wait_until_refines ] ].
Qed.

(** *** Popping *)

Lemma pop_ok w h l : wf w -> m_heap w = h :: l ->
  exists l', pop w = Ok (h, set_heap l' w) /\ Permutation l' l /\ is_heap (time_of (w_handles w)) l'.
Proof.
  intros Hw Hl. unfold pop. rewrite Hl.
  destruct (pop_heap_spec (time_of (w_handles w)) l h) as (l' & -> & Hh & Hp); [rewrite <- Hl; apply (wf_is_heap w Hw)|].
  rewrite last_snoc. cbn. exists l'. by rewrite List.removelast_last.
Qed.

(** After the front of the heap is popped and its entry, if it has one, set
    free, everything else is as before. *)
Lemma popped_ok w h hd l l' : wf w -> m_heap w = h :: l -> Permutation l' l ->
  is_heap (time_of (w_handles w)) l' -> w_handles w !! h = Some hd ->
  let w1 := set_heap l' w in
  let w' := destroy h (match h_entry hd with Some e => set_handle e None w1 | None => w1 end) in
  wf w' /\ (forall e, h_entry hd = Some e -> view w' e = None /\ own w' e) /\
  (forall e, h_entry hd <> Some e -> view w' e = view w e).
Proof.
  intros Hw Hl Hp Hheap Hh w1 w'.
  assert (Hent : w_entries w' = match h_entry hd with
    | Some e => alter (fun en => SE (e_valid en) None) e (w_entries w) | None => w_entries w end)
    by (unfold w', w1; by destruct (h_entry hd)).
  assert (Hhs : w_handles w' = delete h (w_handles w)) by (unfold w', w1; by destruct (h_entry hd)).
  assert (Hheap' : m_heap w' = l') by (unfold w', w1; by destruct (h_entry hd)).
  assert (Hthis : w_this w' = w_this w) by (unfold w', w1; by destruct (h_entry hd)).
  assert (Hnext : w_next w' = w_next w) by (unfold w', w1; by destruct (h_entry hd)).
  pose proof (wf_nodup w Hw) as Hnd. rewrite Hl in Hnd. apply NoDup_cons in Hnd as [Hnotin Hnd].
  assert (Hin : forall h', h' ∈ l' -> h' <> h /\ h' ∈ m_heap w).
  { intros h' Hh'. rewrite Hp in Hh'. split; [by intros ->|]. rewrite Hl. by right. }
  assert (Hkeep : forall e en h', w_entries w' !! e = Some en -> e_handle en = Some h' ->
    w_entries w !! e = Some en /\ h' <> h).
  { intros e en h' He Hn. assert (He2 : w_entries w !! e = Some en).
    { rewrite Hent in He. destruct (h_entry hd) as [e0|]; [|done]. destruct (decide (e = e0)) as [->|Hne].
      - rewrite lookup_alter_eq in He. destruct (w_entries w !! e0); simpl in He; [|done]. injection He as <-. done.
      - by rewrite lookup_alter_ne in He. }
    split; [done|]. intros ->. destruct (wf_entry w Hw e en h He2 Hn) as (_ & hd' & Hh' & Hb & _).
    rewrite Hh in Hh'. injection Hh' as <-. rewrite Hent, Hb in He. rewrite lookup_alter_eq, He2 in He. simpl in He. injection He as E. rewrite <- E in Hn. done. }
  split_and!.
  - constructor; rewrite ?Hhs, ?Hheap', ?Hthis, ?Hnext.
    + by rewrite Hp.
    + eapply is_heap_ext; [|exact Hheap]. apply Forall_forall. intros h' Hh'. unfold time_of.
      by rewrite lookup_delete_ne by (apply not_eq_sym, Hin, Hh').
    + intros h' Hh'. destruct (Hin h' Hh') as [Hne Hm]. rewrite lookup_delete_ne by done. by apply (wf_known w Hw).
    + intros e en h' He Hn. destruct (Hkeep e en h' He Hn) as [He2 Hne].
      destruct (wf_entry w Hw e en h' He2 Hn) as (? & hd' & Hh' & Hb & Hm). split; [done|]. exists hd'.
      rewrite lookup_delete_ne by done. split_and!; [done..|]. intros Hs. specialize (Hm Hs). rewrite Hl in Hm.
      rewrite Hp. by apply elem_of_cons in Hm as [?|?].
    + intros h' hd' e Hh' Hb. apply lookup_delete_Some in Hh' as [Hne Hh'].
      destruct (wf_back w Hw h' hd' e Hh' Hb) as (en & He & Hn). exists en. split; [|done]. rewrite Hent.
      destruct (h_entry hd) as [e0|] eqn:E0; [|done]. destruct (decide (e = e0)) as [->|Hne2]; [|by rewrite lookup_alter_ne].
      destruct (wf_back w Hw h hd e0 Hh E0) as (en2 & ? & ?). congruence.
    + intros h' Hs. apply (wf_fresh w Hw). destruct Hs as [x Hx]. apply lookup_delete_Some in Hx as [_ Hx]. by rewrite Hx.
  - intros e Hb. destruct (wf_back w Hw h hd e Hh Hb) as (en & He & Hn).
    assert (He' : w_entries w' !! e = Some (SE (e_valid en) None)) by (rewrite Hent, Hb, lookup_alter_eq, He; done).
    destruct (wf_entry w Hw e en h He Hn) as [Hv _].
    split; [by eapply view_no_handle|]. eexists. split_and!; [exact He'|done|done].
  - intros e Hb. unfold view. rewrite Hthis, Hhs.
    assert (He : w_entries w' !! e = w_entries w !! e).
    { rewrite Hent. destruct (h_entry hd) as [e0|]; [|done]. rewrite lookup_alter_ne; [done|]. congruence. }
    rewrite He. destruct (w_entries w !! e) as [en|] eqn:E; [|done]. simpl. destruct (e_handle en) as [h'|] eqn:En; [|done]. simpl.
    rewrite lookup_delete_ne; [done|]. intros <-. destruct (wf_entry w Hw e en h E En) as (_ & hd' & Hh' & Hb' & _). congruence.
Qed.

(** *** The due entries *)

Definition due (current_time : Z) (w : world) : nat :=
  count (fun h => time_of (w_handles w) h <=? current_time) (m_heap w).

(** What [perform] relies on: a slot returns, and schedules nothing that is due
    already. *)
Definition slot_ok (slot : nat -> world -> res world) (current_time : Z) : Prop :=
  forall e w, wf w -> own w e -> view w e = None -> exists w', slot e w = Ok w' /\ wf w' /\
    (due current_time w' <= due current_time w)%nat /\
    (forall e' t, view w' e' = Some t -> t <= current_time -> view w e' = Some t).

Lemma due_popped current_time w h hd l l' : wf w -> m_heap w = h :: l -> Permutation l' l ->
  w_handles w !! h = Some hd -> h_time hd <= current_time ->
  let w' := destroy h (match h_entry hd with Some e => set_handle e None (set_heap l' w) | None => set_heap l' w end) in
  due current_time w = S (due current_time w').
Proof.
  intros Hw Hl Hp Hh Ht w'.
  assert (Hhs : w_handles w' = delete h (w_handles w)) by (unfold w'; by destruct (h_entry hd)).
  assert (Hheap' : m_heap w' = l') by (unfold w'; by destruct (h_entry hd)).
  unfold due. rewrite Hheap', Hhs, Hl, count_cons. unfold time_of at 1. rewrite Hh, (proj2 (Z.leb_le _ _)) by lia.
  simpl. f_equal. pose proof (wf_nodup w Hw) as Hnd. rewrite Hl in Hnd. apply NoDup_cons in Hnd as [Hnotin _].
  transitivity (count (fun h' => time_of (w_handles w) h' <=? current_time) l').
  - symmetry. by apply count_perm.
  - apply count_ext, Forall_forall. intros h' Hh'. unfold time_of. rewrite lookup_delete_ne; [done|]. intros <-.
    apply Hnotin. by rewrite <- Hp.
Qed.

Lemma front_least w h l hd e t : wf w -> m_heap w = h :: l -> w_handles w !! h = Some hd -> view w e = Some t -> h_time hd <= t.
Proof.
  intros Hw Hl Hh Hv. destruct (view_Some w e t Hw Hv) as (en & h' & hd' & _ & _ & Hh' & _ & <- & Hin).
  pose proof (wf_is_heap w Hw) as Hheap. rewrite Hl in Hheap, Hin.
  pose proof (heap_front_least _ h l h' Hheap Hin) as Hle. unfold time_of in Hle. by rewrite Hh, Hh' in Hle.
Qed.

Lemma perform_ok slot current_time n w : slot_ok slot current_time -> wf w -> (due current_time w <= n)%nat ->
  exists log w', perform slot n current_time w = Ok (log, w') /\ wf w' /\
    (forall e t, view w' e = Some t -> current_time < t) /\
    StronglySorted Z.le (snd <$> log) /\
    Forall (fun '(e, t) => view w e = Some t /\ t <= current_time) log.
Proof.
  intros Hs. revert w. induction n as [|n IH]; intros w Hw Hn; cbn [perform].
  all: destruct (m_heap w) as [|h l] eqn:Hl;
    [exists [], w; split_and!; [done..| |constructor|constructor];
     intros e t Hv; destruct (view_Some w e t Hw Hv) as (? & ? & ? & _ & _ & _ & _ & _ & Hin); rewrite Hl in Hin; by apply elem_of_nil in Hin|].
  all: destruct (wf_known w Hw h) as (hd & Hh & _); [rewrite Hl; left|]; rewrite Hh; cbn [of_deref mbind res_bind].
  all: destruct (current_time <? h_time hd) eqn:Ht; bool_prop;
    [exists [], w; split_and!; [done..| |constructor|constructor];
     intros e t Hv; pose proof (front_least w h l hd e t Hw Hl Hh Hv); lia|].
  { unfold due in Hn. rewrite Hl, count_cons in Hn. unfold time_of in Hn at 1. rewrite Hh, (proj2 (Z.leb_le _ _)) in Hn by lia. lia. }
  destruct (pop_ok w h l Hw Hl) as (l' & -> & Hp & Hheap). cbn [mbind res_bind].
  change (w_handles (set_heap l' w)) with (w_handles w). rewrite Hh. cbn [of_deref mbind res_bind].
  pose proof (popped_ok w h hd l l' Hw Hl Hp Hheap Hh) as Hpop.
  pose proof (due_popped current_time w h hd l l' Hw Hl Hp Hh Ht) as Hdue. cbv zeta in Hpop, Hdue.
  destruct (h_entry hd) as [e|] eqn:Hb.
  - destruct (wf_back w Hw h hd e Hh Hb) as (en & He & Hn').
    destruct (wf_entry w Hw e en h He Hn') as [Hv _].
    change (w_entries (set_heap l' w)) with (w_entries w). rewrite He. cbn [of_deref mbind res_bind]. rewrite Hv. cbn [negb throw_when mbind res_bind].
    destruct Hpop as (Hw1 & Hfree & Hoth). destruct (Hfree e eq_refl) as [Hview Hown].
    destruct (Hs e _ Hw1 Hown Hview) as (w2 & -> & Hw2 & Hd2 & Hkeep). cbn [mbind res_bind].
    destruct (IH w2 Hw2) as (log & w' & -> & Hw' & Hleft & Hsort & Hlog); [lia|]. cbn [mbind res_bind].
    assert (Hback : Forall (fun '(e', t) => view w e' = Some t /\ t <= current_time) log).
    { eapply Forall_impl; [exact Hlog|]. intros [e' t] [Hv2 Hle]. split; [|done]. specialize (Hkeep e' t Hv2 Hle).
      destruct (decide (e' = e)) as [->|Hne]; [congruence|]. rewrite Hoth in Hkeep by congruence. done. }
    assert (Hve : view w e = Some (h_time hd)).
    { destruct (wf_known w Hw h) as (hd' & Hh' & Hs'); [rewrite Hl; left|]. rewrite Hh in Hh'. injection Hh' as <-.
      unfold view. rewrite He. simpl. rewrite Hn'. simpl. rewrite Hh. simpl. by rewrite Hs', Nat.eqb_refl. }
    exists ((e, h_time hd) :: log), w'. split_and!; [done..| |by constructor].
    cbn. constructor; [done|]. apply Forall_fmap. eapply Forall_impl; [exact Hback|]. intros [e' t] [Hv2 _]. cbn.
    exact (front_least w h l hd e' t Hw Hl Hh Hv2).
  - destruct Hpop as (Hw1 & _ & Hoth). destruct (IH _ Hw1) as (log & w' & -> & Hw' & Hleft & Hsort & Hlog); [lia|].
    exists log, w'. split_and!; [done..|]. eapply Forall_impl; [exact Hlog|]. intros [e' t]. by rewrite Hoth.
Qed.

(** C32: Performing what is due always ends, if no slot schedules something that is
    due already: the entries are called in the order of their times, each was
    due when the call began, and nothing that is due is left. *)
Theorem perform_runs_due slot current_time w : slot_ok slot current_time -> wf w ->
  exists log w', perform slot (length (m_heap w)) current_time w = Ok (log, w') /\ wf w' /\
    (forall e t, view w' e = Some t -> current_time < t) /\
    StronglySorted Z.le (snd <$> log) /\
    Forall (fun '(e, t) => view w e = Some t /\ t <= current_time) log.
Proof. intros Hs Hw. apply perform_ok; [done..|]. apply count_le. Qed.

Lemma drop_forgotten_ok n w : wf w -> (length (m_heap w) <= n)%nat ->
  exists w', drop_forgotten n w = Ok w' /\ wf w' /\ m_cached_time w' = m_cached_time w /\
    (forall e, view w' e = view w e) /\
    (forall h l, m_heap w' = h :: l -> exists hd e, w_handles w' !! h = Some hd /\ h_entry hd = Some e /\ view w' e = Some (h_time hd)).
Proof.
  revert w. induction n as [|n IH]; intros w Hw Hn; cbn [drop_forgotten].
  all: destruct (m_heap w) as [|h l] eqn:Hl; [exists w; split_and!; [done..|]; intros h l Hl'; congruence|].
  { cbn in Hn. lia. }
  destruct (wf_known w Hw h) as (hd & Hh & Hsch); [rewrite Hl; left|]. rewrite Hh. cbn [of_deref mbind res_bind].
  destruct (h_entry hd) as [e|] eqn:Hb.
  - exists w. split_and!; [done..|]. intros h' l' Hl'. rewrite Hl in Hl'. injection Hl' as <- <-. exists hd, e. split_and!; [done..|].
    destruct (wf_back w Hw h hd e Hh Hb) as (en & He & Hn').
    unfold view. rewrite He. simpl. rewrite Hn'. simpl. rewrite Hh. simpl. by rewrite Hsch, Nat.eqb_refl.
  - destruct (pop_ok w h l Hw Hl) as (l' & -> & Hp & Hheap). cbn [mbind res_bind].
    pose proof (popped_ok w h hd l l' Hw Hl Hp Hheap Hh) as Hpop. cbv zeta in Hpop. rewrite Hb in Hpop.
    destruct Hpop as (Hw1 & _ & Hoth).
    destruct (IH _ Hw1) as (w' & -> & Hw' & Hc & Hv & Hfront).
    { cbn. rewrite Hp. cbn in Hn. lia. }
    exists w'. split_and!; [done..| |done]. intros e. rewrite Hv. by apply Hoth.
Qed.

(** The time until the next entry is due is what [next_timeout] answers, at
    least zero and at most the given maximum; without an entry it is the
    maximum.  No entry is touched. *)
Theorem next_timeout_exact max_timeout w : wf w -> 0 <= max_timeout ->
  exists t w', next_timeout max_timeout w = Ok (t, w') /\ wf w' /\ (forall e, view w' e = view w e) /\
    0 <= t <= max_timeout /\
    (forall e time, view w e = Some time -> t <= Z.max 0 (time - m_cached_time w)) /\
    (t = max_timeout \/ exists e time, view w e = Some time /\ t = Z.max 0 (time - m_cached_time w)).
Proof.
  intros Hw Hm. unfold next_timeout. destruct (drop_forgotten_ok (length (m_heap w)) w Hw) as (w' & -> & Hw' & Hc & Hv & Hfront); [done|].
  cbn [mbind res_bind]. destruct (m_heap w') as [|h l] eqn:Hl.
  - exists max_timeout, w'. split_and!; [done..|lia|lia| |by left]. intros e time He. rewrite <- Hv in He.
    destruct (view_Some w' e time Hw' He) as (? & ? & ? & _ & _ & _ & _ & _ & Hin). rewrite Hl in Hin. by apply elem_of_nil in Hin.
  - destruct (Hfront h l eq_refl) as (hd & e & Hh & Hb & Hve). rewrite Hh. cbn [of_deref mbind res_bind]. rewrite Hc.
    eexists _, w'. split; [reflexivity|].
    assert (Hleast : forall e' time, view w e' = Some time -> h_time hd <= time).
    { intros e' time He'. rewrite <- Hv in He'. exact (front_least w' h l hd e' time Hw' Hl Hh He'). }
    rewrite Hv in Hve. destruct (max_timeout <=? h_time hd - m_cached_time w) eqn:E; bool_prop.
    + split_and!; [done..|lia|lia| |by left]. intros e' time He'. specialize (Hleast e' time He'). lia.
    + split_and!; [done..|lia|lia| |right; exists e, (h_time hd); split; [done|lia]].
      intros e' time He'. specialize (Hleast e' time He'). lia.
Qed.
End proofs.

(** *** A concrete scheduler *)

Lemma sorted_is_heap {A} (key : A -> Z) l : StronglySorted (key_le key) l -> is_heap key l.
Proof.
  intros Hs i a b Ha Hb. assert (Hlt : (i / 2 < S i)%nat) by (apply Nat.Div0.div_lt_upper_bound; lia).
  revert Ha Hb Hlt. generalize (i / 2)%nat, (S i). clear i.
  induction Hs as [|x l Hs IH Hx]; intros j k Ha Hb Hlt; [done|]. destruct k as [|k]; [lia|]. cbn in Hb.
  destruct j as [|j]; [|apply (IH j k); [done..|lia]]. injection Ha as ->. rewrite Forall_lookup in Hx. exact (Hx k b Hb).
Qed.

#[export] Program Instance sorted_heap : HeapOps := {
  push_heap A key l := merge_sort (key_le key) l;
  pop_heap A key l := match l with [] => [] | a :: l => merge_sort (key_le key) l ++ [a] end;
}.
Next Obligation.
  intros A key l a _. split; [|apply merge_sort_Permutation].
  apply sorted_is_heap, (StronglySorted_merge_sort (key_le key)).
Qed.
Next Obligation.
  intros A key l a _. eexists. split_and!; [reflexivity| |apply merge_sort_Permutation].
  apply sorted_is_heap, (StronglySorted_merge_sort (key_le key)).
Qed.

(** Three entries, of which the last has no slot. *)
Definition sample : world :=
  World 0 (days 400) [] ∅ {[ 0%nat := SE true None; 1%nat := SE true None; 2%nat := SE false None ]} 0.

Lemma sample_scheduler_wf : wf sample.
Proof.
  constructor; [apply NoDup_nil_2|by intros ? ? ? ? ?|intros h Hh; by apply elem_of_nil in Hh| |done|by intros h [x Hh]].
  intros e en h He Hn. exfalso. assert (Hall : map_Forall (fun _ en => e_handle en = None) (w_entries sample))
    by (apply (bool_decide_unpack _); by vm_compute).
  specialize (Hall e en He). cbn in Hall. congruence.
Qed.

Lemma sample_scheduler_own : own sample 1.
Proof. exists (SE true None). split_and!; [by vm_compute|done|done]. Qed.

(** A slot that asks to be called again an hour later. *)
Definition again (e : nat) (w : world) : res world := wait_until e (days 400 + seconds 3600) w.

Lemma again_ok : slot_ok again (days 400).
Proof.
  intros e w Hw Ho Hv. pose proof (wait_until_refines w e (days 400 + seconds 3600) Hw Ho) as Hr. rewrite Hv in Hr.
  destruct Hr as (w' & Hr & Hw' & _ & Hv' & Hoth). exists w'. split_and!; [done..| |].
  - destruct Ho as (en & He & Hvalid & _). unfold wait_until in Hr. res_inv. unfold due. cbn [push_entry m_heap w_handles push_heap sorted_heap].
    rewrite (count_perm _ _ _ (merge_sort_Permutation _ _)), count_app, count_cons, count_nil. unfold time_of at 2.
    rewrite lookup_insert_eq. cbn. rewrite Nat.add_0_r. apply Nat.eq_le_incl, count_ext, Forall_forall. intros h Hh.
    destruct (wf_known w Hw h Hh) as (hd & Hhd & _). pose proof (wf_fresh w Hw h (mk_is_Some _ _ Hhd)).
    unfold time_of. rewrite lookup_insert_ne by lia. done.
  - intros e' t He' Ht. destruct (decide (e' = e)) as [->|Hne]; [|by rewrite <- Hoth].
    rewrite Hv' in He'. injection He' as <-. unfold days, seconds in Ht. lia.
Qed.

(** The entry 1 is due, the entry 0 an hour later. *)
Definition busy : world := res_value sample (w ← wait_until 0 (days 400 + seconds 1) sample; wait_until 1 (days 400) w).

Lemma busy_wf : wf busy.
Proof.
  pose proof (wait_until_refines sample 0 (days 400 + seconds 1) sample_scheduler_wf) as H0.
  destruct H0 as (w0 & H0 & Hw0 & _ & _ & Hoth); [exists (SE true None); split_and!; [by vm_compute|done|done]|].
  assert (Ho : own w0 1).
  { vm_compute in H0. injection H0 as <-. exists (SE true None). split_and!; [by vm_compute|done|done]. }
  pose proof (wait_until_refines w0 1 (days 400) Hw0 Ho) as H1. rewrite Hoth in H1 by done.
  destruct H1 as (w1 & H1 & Hw1 & _). unfold busy. rewrite H0. cbn [mbind res_bind]. by rewrite H1.
Qed.

Lemma perform_runs_due_witness : exists w', perform again 2 (days 400) busy = Ok ([(1%nat, days 400)], w') /\ wf w'.
Proof.
  destruct (perform_runs_due again (days 400) busy again_ok busy_wf) as (log & w' & Hp & Hw' & _).
  assert (Hlog : res_value [] (r ← perform again 2 (days 400) busy; Ok (fst r)) = [(1%nat, days 400)]) by by vm_compute.
  change (length (m_heap busy)) with 2%nat in Hp. exists w'. split; [|exact Hw'].
  rewrite Hp in Hlog |- *. cbn in Hlog. by rewrite Hlog.
Defined.

Lemma next_timeout_exact_witness : exists w', next_timeout (seconds 60) busy = Ok (0, w').
Proof.
  destruct (next_timeout_exact (seconds 60) busy busy_wf) as (t & w' & Ht & _ & _ & Hr & Hleast & _); [unfold seconds; lia|].
  exists w'. rewrite Ht. repeat f_equal.
  assert (Hv : view busy 1 = Some (days 400)) by by vm_compute.
  specialize (Hleast 1%nat (days 400) Hv). change (m_cached_time busy) with (days 400) in Hleast. lia.
Defined.

Lemma scheduler_refines_witness :
  refines sample 1 (run_call (c_update_wait_for (seconds 5)) 1 sample) (Ok (Some (days 400 + seconds 5))).
Proof. exact (scheduler_refines (c_update_wait_for (seconds 5)) 1 sample sample_scheduler_wf sample_scheduler_own). Defined.
End Scheduler.
