(* ===== verification/Bitfield.v ===== *)
(** * Bitfield (src/torrent/bitfield.h, src/torrent/bitfield.cc)

    The packed array of chunk flags: one bit per chunk, most significant bit
    first, with a cached number of set bits.  The file models every operation
    of the class at the byte level and proves that the byte array implements a
    sequence of booleans ([bits]) of which [m_set] is the number of [true]s. *)

From S2P Require Import Prelude.

Module Bitfield.

(** The three members of the class; [None] is the null [m_data]. *)
Record Bitfield := mkBitfield {
  m_size : Z;
  m_set : Z;
  m_data : option (list Z)
}.

Definition empty_bitfield : Bitfield := mkBitfield 0 0 None.

(** ** Operations *)

Definition mask_at (idx : Z) : Z := u8 (Z.shiftl 1 (7 - idx)).
Definition mask_before (idx : Z) : Z := u8 (Z.shiftl 255 (8 - idx)).
Definition mask_from (idx : Z) : Z := Z.shiftr 255 idx.

Definition empty (bf : Bitfield) : bool :=
  match m_data bf with None => true | Some _ => false end.
Definition is_all_set (bf : Bitfield) : bool := m_set bf =? m_size bf.
Definition is_all_unset (bf : Bitfield) : bool := m_set bf =? 0.

Definition size_bits (bf : Bitfield) : Z := m_size bf.
Definition size_bytes (bf : Bitfield) : Z := u32 (m_size bf + 7) / 8.
Definition size_set (bf : Bitfield) : Z := m_set bf.
Definition size_unset (bf : Bitfield) : Z := u32 (m_size bf - m_set bf).

Definition set_size_bits (bf : Bitfield) (s : Z) : res Bitfield :=
  _ ← throw_when (negb (empty bf)) internal_error;
  Ok (mkBitfield s (m_set bf) (m_data bf)).

Definition set_size_set (bf : Bitfield) (s : Z) : res Bitfield :=
  _ ← throw_when ((m_size bf <? s) || negb (empty bf)) internal_error;
  Ok (mkBitfield (m_size bf) s (m_data bf)).

Definition allocate (bf : Bitfield) : Bitfield :=
  match m_data bf with
  | Some _ => bf
  | None => mkBitfield (m_size bf) (m_set bf)
              (Some (replicate (Z.to_nat (size_bytes bf)) 0))
  end.

Definition unallocate (bf : Bitfield) : Bitfield :=
  mkBitfield (m_size bf) (m_set bf) None.

Definition clear (bf : Bitfield) : Bitfield :=
  let bf := unallocate bf in mkBitfield 0 0 (m_data bf).

(** [*(end() - 1) &= mask]: with no data, or no byte, the access is undefined. *)
Definition and_last (bf : Bitfield) (mask : Z) : res Bitfield :=
  d ← of_deref (m_data bf);
  let i := size_bytes bf - 1 in
  b ← of_deref (zlookup d i);
  Ok (mkBitfield (m_size bf) (m_set bf) (Some (zinsert i (Z.land b mask) d))).

Definition clear_tail (bf : Bitfield) : res Bitfield :=
  if m_size bf mod 8 =? 0 then Ok bf
  else and_last bf (mask_before (m_size bf mod 8)).

Definition is_tail_cleared (bf : Bitfield) : res bool :=
  if m_size bf mod 8 =? 0 then Ok true
  else
    d ← of_deref (m_data bf);
    b ← of_deref (zlookup d (size_bytes bf - 1));
    Ok (Z.land b (mask_from (m_size bf mod 8)) =? 0).

(** [std::popcount] of a [w]-bit value. *)
Definition popcount (w : nat) (v : Z) : Z :=
  Z.of_nat (count (Z.testbit v) (Z.of_nat <$> seq 0 w)).

(** The integer [std::memcpy] makes of consecutive bytes. *)
Fixpoint le_combine (l : list Z) : Z :=
  match l with
  | [] => 0
  | b :: l => b + 2 ^ 8 * le_combine l
  end.

(** The three loops of [update]: eight bytes at a time, then at most one group
    of four, then the remaining bytes. *)
Fixpoint update_loop64 (set : Z) (d : list Z) : Z * list Z :=
  match d with
  | b0 :: b1 :: b2 :: b3 :: b4 :: b5 :: b6 :: b7 :: rest =>
      update_loop64
        (u32 (set + popcount 64 (le_combine [b0; b1; b2; b3; b4; b5; b6; b7]))) rest
  | _ => (set, d)
  end.

Definition update_step32 (set : Z) (d : list Z) : Z * list Z :=
  match d with
  | b0 :: b1 :: b2 :: b3 :: rest =>
      (u32 (set + popcount 32 (le_combine [b0; b1; b2; b3])), rest)
  | _ => (set, d)
  end.

Definition update_loop8 (set : Z) (d : list Z) : Z :=
  fold_left (fun set b => u32 (set + popcount 8 b)) d set.

Definition update_count (d : list Z) : Z :=
  let '(s1, d1) := update_loop64 0 d in
  let '(s2, d2) := update_step32 s1 d1 in
  update_loop8 s2 d2.

Definition update (bf : Bitfield) : res Bitfield :=
  bf ← clear_tail bf;
  Ok (mkBitfield (m_size bf) (update_count (default [] (m_data bf))) (m_data bf)).

Definition copy (bf src : Bitfield) : res Bitfield :=
  let bf := unallocate bf in
  let bf := mkBitfield (m_size src) (m_set src) (m_data bf) in
  match m_data src with
  | None => Ok (mkBitfield (m_size bf) (m_set bf) None)
  | Some d =>
      let bf := allocate bf in
      _ ← ub_when (zlen d <? size_bytes bf);
      Ok (mkBitfield (m_size bf) (m_set bf)
            (Some (take (Z.to_nat (size_bytes bf)) d)))
  end.

(** [std::fill_n(m_data.get(), size_bytes(), v)]. *)
Definition fill (bf : Bitfield) (v : Z) : res (option (list Z)) :=
  match m_data bf with
  | None => _ ← ub_when (0 <? size_bytes bf); Ok None
  | Some d =>
      _ ← ub_when (zlen d <? size_bytes bf);
      let n := Z.to_nat (size_bytes bf) in
      Ok (Some (replicate n v ++ drop n d))
  end.

Definition set_all (bf : Bitfield) : res Bitfield :=
  d ← fill bf (u8 (Z.lnot 0));
  clear_tail (mkBitfield (m_size bf) (m_size bf) d).

Definition unset_all (bf : Bitfield) : res Bitfield :=
  d ← fill bf 0;
  Ok (mkBitfield (m_size bf) 0 d).

Definition byte_at (bf : Bitfield) (idx : Z) : res Z :=
  d ← of_deref (m_data bf);
  of_deref (zlookup d (idx / 8)).

Definition set_byte (bf : Bitfield) (idx v : Z) : option (list Z) :=
  zinsert (idx / 8) v <$> m_data bf.

Definition get (bf : Bitfield) (idx : Z) : res bool :=
  b ← byte_at bf idx;
  Ok (negb (Z.land b (mask_at (idx mod 8)) =? 0)).

Definition set (bf : Bitfield) (idx : Z) : res Bitfield :=
  g ← get bf idx;
  b ← byte_at bf idx;
  Ok (mkBitfield (m_size bf) (u32 (m_set bf + b2z (negb g)))
        (set_byte bf idx (Z.lor b (mask_at (idx mod 8))))).

Definition unset (bf : Bitfield) (idx : Z) : res Bitfield :=
  g ← get bf idx;
  b ← byte_at bf idx;
  Ok (mkBitfield (m_size bf) (u32 (m_set bf - b2z g))
        (set_byte bf idx (Z.land b (u8 (Z.lnot (mask_at (idx mod 8))))))).

(** [while (first != last) f(first++)] makes [u32 (last - first)] rounds. *)
Fixpoint range_loop (f : Bitfield -> Z -> res Bitfield) (n : nat)
    (bf : Bitfield) (first : Z) : res Bitfield :=
  match n with
  | O => Ok bf
  | S n => bf ← f bf first; range_loop f n bf (u32 (first + 1))
  end.

Definition set_range (bf : Bitfield) (first last : Z) : res Bitfield :=
  range_loop set (Z.to_nat (u32 (last - first))) bf first.
Definition unset_range (bf : Bitfield) (first last : Z) : res Bitfield :=
  range_loop unset (Z.to_nat (u32 (last - first))) bf first.

Fixpoint find_first_set_loop (n : nat) (bf : Bitfield) (first last : Z) : res Z :=
  match n with
  | O => Ok last
  | S n =>
      if first <? last then
        g ← get bf first;
        if g : bool then Ok first
        else find_first_set_loop n bf (u32 (first + 1)) last
      else Ok last
  end.

Definition find_first_set (bf : Bitfield) (first last : Z) : res Z :=
  find_first_set_loop (Z.to_nat (last - first)) bf first last.

Definition swap (a b : Bitfield) : Bitfield * Bitfield := (b, a).

(** [position(begin() + n)], an index from a byte pointer. *)
Definition position (n : Z) : Z := u32 (n * 8).

Definition from_c_str (bf : Bitfield) (str : list Z) : res Bitfield :=
  _ ← ub_when (zlen str <? size_bytes bf);
  d ← (match m_data bf with
       | None => _ ← ub_when (0 <? size_bytes bf); Ok None
       | Some d =>
           _ ← ub_when (zlen d <? size_bytes bf);
           let n := Z.to_nat (size_bytes bf) in
           Ok (Some (take n str ++ drop n d))
       end);
  update (mkBitfield (m_size bf) (m_set bf) d).

(** ** Abstraction: the sequence of booleans *)

Definition byte_bits (b : Z) : list bool := Z.testbit b <$> [7; 6; 5; 4; 3; 2; 1; 0].
Definition bits (d : list Z) : list bool := d ≫= byte_bits.
Definition nset (d : list Z) : nat := count id (bits d).
#[global] Arguments bits : simpl never.
#[global] Arguments byte_bits : simpl never.
#[global] Arguments nset : simpl never.

(** The number of bytes is the one [size_bits] asks for and each is a byte. *)
Definition shape (bf : Bitfield) : Prop :=
  0 <= m_size bf <= 2 ^ 32 - 8 /\
  match m_data bf with
  | None => True
  | Some d => zlen d = size_bytes bf /\ Forall is_u8 d
  end.

(** [m_set] counts the set bits and no bit at or after [m_size] is set. *)
Definition counted (bf : Bitfield) : Prop :=
  match m_data bf with
  | None => True
  | Some d =>
      m_set bf = Z.of_nat (nset d) /\
      forall i, m_size bf <= Z.of_nat i -> bits d !! i <> Some true
  end.

Definition wf (bf : Bitfield) : Prop := shape bf /\ counted bf.

(** The mutating calls. *)
Inductive op :=
  | OpSetSizeBits (s : Z)
  | OpSetSizeSet (s : Z)
  | OpAllocate
  | OpUnallocate
  | OpClear
  | OpUpdate
  | OpSetAll
  | OpUnsetAll
  | OpSet (i : Z)
  | OpUnset (i : Z)
  | OpSetRange (first last : Z)
  | OpUnsetRange (first last : Z)
  | OpFromCStr (str : list Z)
  | OpCopy (src : Bitfield)
  | OpSwap (other : Bitfield).

Definition apply (o : op) (bf : Bitfield) : res Bitfield :=
  match o with
  | OpSetSizeBits s => set_size_bits bf s
  | OpSetSizeSet s => set_size_set bf s
  | OpAllocate => Ok (allocate bf)
  | OpUnallocate => Ok (unallocate bf)
  | OpClear => Ok (clear bf)
  | OpUpdate => update bf
  | OpSetAll => set_all bf
  | OpUnsetAll => unset_all bf
  | OpSet i => set bf i
  | OpUnset i => unset bf i
  | OpSetRange first last => set_range bf first last
  | OpUnsetRange first last => unset_range bf first last
  | OpFromCStr str => from_c_str bf str
  | OpCopy src => copy bf src
  | OpSwap other => Ok (fst (swap bf other))
  end.

(** What the code guarantees when it makes them: an index is in range, direct
    calls on the bits need [allocate] first, sizes fit, and the other bitfield
    of a copy or a swap is consistent. *)
Definition op_ok (o : op) (bf : Bitfield) : Prop :=
  match o with
  | OpSetSizeBits s => 0 <= s <= 2 ^ 32 - 8
  | OpSetSizeSet _ | OpAllocate | OpUnallocate | OpClear => True
  | OpUpdate | OpSetAll | OpUnsetAll => empty bf = false
  | OpSet i | OpUnset i => empty bf = false /\ 0 <= i < m_size bf
  | OpSetRange first last | OpUnsetRange first last =>
      empty bf = false /\ 0 <= first <= last /\ last <= m_size bf
  | OpFromCStr str =>
      empty bf = false /\ size_bytes bf <= zlen str /\ Forall is_u8 str
  | OpCopy src => wf src
  | OpSwap other => wf other
  end.

(** The calls that are refused: a size of a bitfield that has data, or a number
    of set bits larger than the size. *)
Definition refused (o : op) (bf : Bitfield) : Prop :=
  match o with
  | OpSetSizeBits _ => empty bf = false
  | OpSetSizeSet s => empty bf = false \/ m_size bf < s
  | _ => False
  end.

(** [allocate] keeps a count that was set before, or left by [unallocate], but
    its bits are all off. *)
Definition stale_count (o : op) (bf : Bitfield) : Prop :=
  match o with OpAllocate => empty bf = true /\ m_set bf <> 0 | _ => False end.

(** The outcome of that: the bytes are right and off, the count is the old one. *)
Definition miscounted (bf bf' : Bitfield) : Prop :=
  shape bf' /\ m_size bf' = m_size bf /\ m_set bf' = m_set bf /\
  exists d, m_data bf' = Some d /\ nset d = 0%nat.

(** ** Lemmas on bytes and bits *)

Ltac byte_cases j :=
  let H := fresh in
  assert (H : j = 0 \/ j = 1 \/ j = 2 \/ j = 3 \/ j = 4 \/ j = 5 \/ j = 6 \/ j = 7) by lia;
  repeat destruct H as [H|H]; subst j.

Ltac byte_bits_solve :=
  unfold byte_bits; cbn -[Z.testbit Z.land Z.lor];
  rewrite ?Z.lor_spec, ?Z.land_spec; cbn -[Z.testbit];
  rewrite ?orb_false_r, ?orb_true_r, ?andb_true_r, ?andb_false_r; reflexivity.

Lemma byte_bits_set b j : 0 <= j < 8 ->
  byte_bits (Z.lor b (mask_at j)) = <[Z.to_nat j := true]> (byte_bits b).
Proof. intros Hj. byte_cases j; byte_bits_solve. Qed.

Lemma byte_bits_unset b j : 0 <= j < 8 ->
  byte_bits (Z.land b (u8 (Z.lnot (mask_at j)))) = <[Z.to_nat j := false]> (byte_bits b).
Proof. intros Hj. byte_cases j; byte_bits_solve. Qed.

Lemma byte_bits_before b r : 0 < r < 8 ->
  byte_bits (Z.land b (mask_before r)) =
  take (Z.to_nat r) (byte_bits b) ++ replicate (Z.to_nat (8 - r)) false.
Proof. intros Hr. byte_cases r; try lia; byte_bits_solve. Qed.

Lemma length_byte_bits b : length (byte_bits b) = 8%nat.
Proof. reflexivity. Qed.

Lemma byte_bits_get b j : 0 <= j < 8 ->
  byte_bits b !! Z.to_nat j = Some (negb (Z.land b (mask_at j) =? 0)).
Proof.
  intros Hj. assert (Hm : mask_at j = 2 ^ (7 - j)) by (byte_cases j; reflexivity).
  rewrite Hm, land_pow2 by lia. byte_cases j; reflexivity.
Qed.

Lemma bits_cons b d : bits (b :: d) = byte_bits b ++ bits d.
Proof. reflexivity. Qed.

Lemma bits_app d1 d2 : bits (d1 ++ d2) = bits d1 ++ bits d2.
Proof. apply bind_app. Qed.

Lemma length_bits d : length (bits d) = (8 * length d)%nat.
Proof. induction d; [done|]. rewrite bits_cons, length_app, IHd. simpl. lia. Qed.

Lemma bits_lookup d i j : 0 <= j < 8 ->
  bits d !! (8 * i + Z.to_nat j)%nat =
  (fun b => negb (Z.land b (mask_at j) =? 0)) <$> d !! i.
Proof.
  intros Hj. revert i. induction d as [|b d IH]; intros i; [done|].
  rewrite bits_cons. destruct i as [|i].
  - rewrite Nat.mul_0_r, Nat.add_0_l.
    rewrite lookup_app_l by (rewrite length_byte_bits; lia). by apply byte_bits_get.
  - rewrite lookup_app_r by (rewrite length_byte_bits; lia).
    replace (8 * S i + Z.to_nat j - length (byte_bits b))%nat
      with (8 * i + Z.to_nat j)%nat by (rewrite length_byte_bits; lia).
    apply IH.
Qed.

Lemma bits_insert d i j b b' v : 0 <= j < 8 -> d !! i = Some b ->
  byte_bits b' = <[Z.to_nat j := v]> (byte_bits b) ->
  bits (<[i := b']> d) = <[(8 * i + Z.to_nat j)%nat := v]> (bits d).
Proof.
  intros Hj Hb Hv. revert i Hb. induction d as [|c d IH]; intros [|i] Hb; [done..| |].
  - injection Hb as ->. change (<[0%nat := b']> (b :: d)) with (b' :: d).
    rewrite !bits_cons, Hv, Nat.mul_0_r, Nat.add_0_l, insert_app_l by (rewrite length_byte_bits; lia). done.
  - change (<[S i := b']> (c :: d)) with (c :: <[i := b']> d).
    rewrite !bits_cons, IH by done.
    rewrite insert_app_r_alt by (rewrite length_byte_bits; lia).
    do 2 f_equal. rewrite length_byte_bits. lia.
Qed.

Lemma nset_app d1 d2 : nset (d1 ++ d2) = (nset d1 + nset d2)%nat.
Proof. unfold nset. by rewrite bits_app, count_app. Qed.

Lemma nset_le d : (nset d <= 8 * length d)%nat.
Proof. unfold nset. rewrite <- length_bits. apply count_le. Qed.

Lemma nset_replicate0 n : nset (replicate n 0) = 0%nat.
Proof. induction n; [done|]. simpl. change (0 :: ?l) with ([0] ++ l). by rewrite nset_app, IHn. Qed.

(** ** Population counts *)

Lemma popcount_byte b : popcount 8 b = Z.of_nat (nset [b]).
Proof.
  unfold popcount, nset. rewrite bits_cons, app_nil_r. unfold byte_bits.
  change (Z.of_nat <$> seq 0 8) with [0; 1; 2; 3; 4; 5; 6; 7].
  rewrite count_fmap.
  rewrite !count_cons, !count_nil. unfold id. lia.
Qed.

Lemma testbit_combine_low b r i : is_u8 b -> (i < 8)%nat ->
  Z.testbit (b + 2 ^ 8 * r) (Z.of_nat i) = Z.testbit b (Z.of_nat i).
Proof.
  intros Hb Hi. rewrite <- (Z.mod_pow2_bits_low (b + 2 ^ 8 * r) 8) by lia.
  rewrite (Z.mul_comm (2 ^ 8)), Z_mod_plus_full, Z.mod_small by (unfold is_u8 in Hb; lia). done.
Qed.

Lemma testbit_combine_high b r i : is_u8 b ->
  Z.testbit (b + 2 ^ 8 * r) (Z.of_nat (8 + i)) = Z.testbit r (Z.of_nat i).
Proof.
  intros Hb. replace (Z.of_nat (8 + i)) with (Z.of_nat i + 8) by lia.
  rewrite <- Z.div_pow2_bits by lia.
  rewrite (Z.mul_comm (2 ^ 8)), Z_div_plus_full, Z.div_small by (unfold is_u8 in Hb; lia). done.
Qed.

Lemma popcount_combine b r w : is_u8 b ->
  popcount (8 + w) (b + 2 ^ 8 * r) = popcount 8 b + popcount w r.
Proof.
  intros Hb. unfold popcount.
  rewrite seq_app, fmap_app, count_app, Nat2Z.inj_add.
  change (seq (0 + 8) w) with (seq (8 + 0) w). rewrite <- (fmap_add_seq 8 0 w).
  rewrite !count_fmap. f_equal; f_equal; apply count_ext.
  - apply Forall_seq. intros i Hi. apply testbit_combine_low; [done|lia].
  - apply Forall_forall. intros i _. by apply testbit_combine_high.
Qed.

Lemma popcount_le_combine l : Forall is_u8 l ->
  popcount (8 * length l) (le_combine l) = Z.of_nat (nset l).
Proof.
  induction 1 as [|b l Hb _ IH]; [done|]. cbn [length le_combine].
  replace (8 * S (length l))%nat with (8 + 8 * length l)%nat by lia.
  rewrite popcount_combine, IH, popcount_byte by done.
  change (b :: l) with ([b] ++ l). rewrite nset_app. lia.
Qed.

Lemma update_loop64_spec d s : Forall is_u8 d ->
  let '(s', d') := update_loop64 s d in
  Forall is_u8 d' /\ u32 (s' + Z.of_nat (nset d')) = u32 (s + Z.of_nat (nset d)).
Proof.
  remember (length d) as n eqn:Hn. revert d s Hn.
  induction (lt_wf n) as [n _ IH]; intros d s Hn Hd.
  do 8 (destruct d as [|? d]; [by split|]).
  cbn [update_loop64].
  repeat match goal with H : Forall _ (_ :: _) |- _ => apply Forall_cons in H as [??] end.
  match goal with |- context [update_loop64 ?s' d] =>
    specialize (IH (length d) ltac:(simpl in Hn; lia) d s' eq_refl ltac:(done)) end.
  destruct (update_loop64 _ d) as [s' d']. destruct IH as [? ->]. split; [done|].
  rewrite u32_add_l. f_equal.
  change 64%nat with (8 * length [z; z0; z1; z2; z3; z4; z5; z6])%nat.
  rewrite popcount_le_combine by forall_list.
  change (z :: z0 :: z1 :: z2 :: z3 :: z4 :: z5 :: z6 :: d)
    with ([z; z0; z1; z2; z3; z4; z5; z6] ++ d).
  rewrite nset_app. lia.
Qed.

Lemma update_step32_spec d s : Forall is_u8 d ->
  let '(s', d') := update_step32 s d in
  Forall is_u8 d' /\ u32 (s' + Z.of_nat (nset d')) = u32 (s + Z.of_nat (nset d)).
Proof.
  intros Hd. do 4 (destruct d as [|? d]; [by split|]).
  cbn [update_step32].
  repeat match goal with H : Forall _ (_ :: _) |- _ => apply Forall_cons in H as [??] end.
  split; [done|]. rewrite u32_add_l. f_equal.
  change 32%nat with (8 * length [z; z0; z1; z2])%nat.
  rewrite popcount_le_combine by forall_list.
  change (z :: z0 :: z1 :: z2 :: d) with ([z; z0; z1; z2] ++ d).
  rewrite nset_app. lia.
Qed.

Lemma update_loop8_spec d s :
  u32 (update_loop8 s d) = u32 (s + Z.of_nat (nset d)).
Proof.
  unfold update_loop8. revert s. induction d as [|b d IH]; intros s; simpl.
  - f_equal. unfold nset. change (bits []) with (@nil bool). rewrite count_nil. lia.
  - rewrite IH, u32_add_l, popcount_byte. f_equal.
    change (b :: d) with ([b] ++ d). rewrite nset_app. lia.
Qed.

Lemma update_count_range d : 0 <= update_count d < 2 ^ 32.
Proof.
  assert (Hfold : forall l s, 0 <= s < 2 ^ 32 -> 0 <= update_loop8 s l < 2 ^ 32).
  { unfold update_loop8. induction l as [|b l IH]; intros s Hs; simpl; [done|].
    apply IH, u32_range. }
  assert (H64 : forall n l s, (length l <= n)%nat -> 0 <= s < 2 ^ 32 ->
                  0 <= fst (update_loop64 s l) < 2 ^ 32).
  { induction n as [|n IH]; intros l s Hl Hs.
    - destruct l; simpl in *; [done|lia].
    - do 8 (destruct l as [|? l]; [done|]). cbn [update_loop64].
      apply IH; [simpl in Hl; lia|apply u32_range]. }
  unfold update_count. specialize (H64 _ d 0 (le_n _) ltac:(lia)).
  destruct (update_loop64 0 d) as [s1 d1]. simpl in H64.
  destruct (update_step32 s1 d1) as [s2 d2] eqn:E2. apply Hfold.
  unfold update_step32 in E2.
  do 4 (destruct d1 as [|? d1]; [by simplify_eq|]). simplify_eq. apply u32_range.
Qed.

(** The word-at-a-time count of [update] is the number of set bits. *)
Lemma update_count_spec d : Forall is_u8 d -> 8 * zlen d < 2 ^ 32 ->
  update_count d = Z.of_nat (nset d).
Proof.
  intros Hd Hl. pose proof (update_count_range d) as Hr.
  rewrite <- (u32_small (update_count d)) by lia. unfold update_count.
  pose proof (update_loop64_spec d 0 Hd) as H1.
  destruct (update_loop64 0 d) as [s1 d1]. destruct H1 as [Hd1 H1].
  pose proof (update_step32_spec d1 s1 Hd1) as H2.
  destruct (update_step32 s1 d1) as [s2 d2]. destruct H2 as [Hd2 H2].
  rewrite update_loop8_spec, H2, H1. pose proof (nset_le d).
  unfold zlen in Hl. apply u32_small. lia.
Qed.

(** ** Each operation on the abstraction *)

Lemma split_index i : 0 <= i ->
  exists k, 0 <= i mod 8 < 8 /\ i / 8 = Z.of_nat k /\
            Z.to_nat i = (8 * k + Z.to_nat (i mod 8))%nat.
Proof.
  intros Hi. exists (Z.to_nat (i / 8)).
  pose proof (Z.mod_pos_bound i 8). pose proof (Z.div_mod i 8).
  pose proof (Z.div_pos i 8). lia.
Qed.

Lemma get_bits bf d i : m_data bf = Some d -> 0 <= i ->
  get bf i = of_deref (bits d !! Z.to_nat i).
Proof.
  intros Hd Hi. destruct (split_index i Hi) as (k & Hj & Hk & ->).
  unfold get, byte_at. rewrite Hd, Hk. res_simpl.
  rewrite zlookup_nat, bits_lookup by done. by destruct (d !! k).
Qed.

(** [set] and [unset] write one bit and adjust the count. *)
Lemma write_bit bf d i g : m_data bf = Some d -> 0 <= i ->
  bits d !! Z.to_nat i = Some g -> exists b, byte_at bf i = Ok b /\
  forall v b', byte_bits b' = <[Z.to_nat (i mod 8) := v]> (byte_bits b) ->
    exists d', set_byte bf i b' = Some d' /\ bits d' = <[Z.to_nat i := v]> (bits d) /\
      zlen d' = zlen d /\ (is_u8 b' -> Forall is_u8 d -> Forall is_u8 d').
Proof.
  intros Hd Hi. destruct (split_index i Hi) as (k & Hj & Hk & ->).
  rewrite bits_lookup by done. intros Hg. destruct (d !! k) as [b|] eqn:Hb; [|done].
  exists b. unfold byte_at, set_byte. rewrite Hd, Hk. res_simpl.
  rewrite zlookup_nat, Hb. split; [done|]. intros v b' Hv.
  exists (<[k := b']> d). cbn [fmap option_fmap option_map].
  rewrite zinsert_nat. repeat split.
  - by apply (bits_insert d k (i mod 8) b).
  - unfold zlen. by rewrite length_insert.
  - intros ??. by apply Forall_insert.
Qed.

Lemma byte_is_u8 bf d i b : m_data bf = Some d -> Forall is_u8 d ->
  byte_at bf i = Ok b -> is_u8 b.
Proof.
  intros Hd Hu H. unfold byte_at in H. rewrite Hd in H. simpl in H. res_inv.
  unfold zlookup in H. case_bool; [|done]. by apply (Forall_lookup_1 _ _ _ _ Hu H).
Qed.

Lemma mask_at_u8 j : is_u8 (mask_at j).
Proof. apply u8_range. Qed.

Lemma set_bits bf d i g : m_data bf = Some d -> 0 <= i -> Forall is_u8 d ->
  bits d !! Z.to_nat i = Some g ->
  exists d', set bf i =
      Ok (mkBitfield (m_size bf) (u32 (m_set bf + b2z (negb g))) (Some d')) /\
    bits d' = <[Z.to_nat i := true]> (bits d) /\ zlen d' = zlen d /\ Forall is_u8 d'.
Proof.
  intros Hd Hi Hu Hg. destruct (write_bit bf d i g Hd Hi Hg) as (b & Hb & Hw).
  destruct (Hw true (Z.lor b (mask_at (i mod 8)))) as (d' & Hs & H1 & H2 & H3).
  { apply byte_bits_set, Z.mod_pos_bound. lia. }
  exists d'. unfold set. rewrite (get_bits bf d i Hd Hi), Hg. res_simpl. rewrite Hb. res_simpl.
  rewrite Hs. repeat split; try done.
  apply H3; [|done]. apply is_u8_lor, mask_at_u8. by apply (byte_is_u8 bf d i).
Qed.

Lemma unset_bits bf d i g : m_data bf = Some d -> 0 <= i -> Forall is_u8 d ->
  bits d !! Z.to_nat i = Some g ->
  exists d', unset bf i =
      Ok (mkBitfield (m_size bf) (u32 (m_set bf - b2z g)) (Some d')) /\
    bits d' = <[Z.to_nat i := false]> (bits d) /\ zlen d' = zlen d /\ Forall is_u8 d'.
Proof.
  intros Hd Hi Hu Hg. destruct (write_bit bf d i g Hd Hi Hg) as (b & Hb & Hw).
  destruct (Hw false (Z.land b (u8 (Z.lnot (mask_at (i mod 8)))))) as (d' & Hs & H1 & H2 & H3).
  { apply byte_bits_unset, Z.mod_pos_bound. lia. }
  exists d'. unfold unset. rewrite (get_bits bf d i Hd Hi), Hg. res_simpl. rewrite Hb. res_simpl.
  rewrite Hs. repeat split; try done.
  apply H3; [|done]. apply is_u8_land; [by apply (byte_is_u8 bf d i)|apply u8_range].
Qed.

Lemma size_bytes_bound bf : 0 <= m_size bf <= 2 ^ 32 - 8 ->
  m_size bf <= 8 * size_bytes bf < m_size bf + 8.
Proof.
  intros H. unfold size_bytes. width. pose proof (Z.div_mod (m_size bf + 7) 8).
  pose proof (Z.mod_pos_bound (m_size bf + 7) 8). lia.
Qed.

Lemma shape_length bf d : shape bf -> m_data bf = Some d ->
  m_size bf <= Z.of_nat (length (bits d)) < m_size bf + 8 /\ Forall is_u8 d /\
  zlen d = size_bytes bf.
Proof.
  intros [Hs Hd] E. rewrite E in Hd. destruct Hd as [Hl Hu].
  pose proof (size_bytes_bound bf Hs). rewrite length_bits. unfold zlen in *. split; [lia|done].
Qed.

Lemma bit_in_range bf d i : shape bf -> m_data bf = Some d -> 0 <= i < m_size bf ->
  exists g, bits d !! Z.to_nat i = Some g.
Proof.
  intros Hs Hd Hi. apply lookup_lt_is_Some. destruct (shape_length bf d Hs Hd). lia.
Qed.

(** Clearing the tail keeps the first [m_size] bits and clears the others. *)
Lemma clear_tail_bits bf d : shape bf -> m_data bf = Some d ->
  exists d', clear_tail bf = Ok (mkBitfield (m_size bf) (m_set bf) (Some d')) /\
    zlen d' = zlen d /\ Forall is_u8 d' /\
    bits d' = take (Z.to_nat (m_size bf)) (bits d) ++
              replicate (length (bits d) - Z.to_nat (m_size bf)) false.
Proof.
  intros Hs Hd. destruct (shape_length bf d Hs Hd) as (Hb & Hu & Hl).
  destruct Hs as [Hsz _]. pose proof (size_bytes_bound bf Hsz) as Hsb.
  unfold clear_tail. case_bool.
  - exists d. split; [by destruct bf; simplify_eq/=|]. repeat split; try done.
    rewrite length_bits in *. unfold zlen in Hl.
    pose proof (Z.div_mod (m_size bf) 8). 
    replace (Z.to_nat (m_size bf)) with (length (bits d)) by (rewrite length_bits; lia).
    rewrite length_bits, Nat.sub_diag, app_nil_r, take_ge; [done|]. by rewrite length_bits.
  - set (r := m_size bf mod 8) in *. pose proof (Z.mod_pos_bound (m_size bf) 8).
    assert (Hr : 0 < r < 8) by (unfold r; lia).
    assert (0 < m_size bf).
    { destruct (Z.eq_dec (m_size bf) 0) as [E|]; [|lia].
      unfold r in Hr. rewrite E in Hr. change (0 mod 8) with 0 in Hr. lia. }
    destruct d as [|b d] using rev_ind; [unfold zlen in Hl; simpl in Hl; lia|clear IHd].
    assert (Hi : size_bytes bf - 1 = Z.of_nat (length d)).
    { rewrite <- Hl. unfold zlen. rewrite length_app. simpl. lia. }
    exists (d ++ [Z.land b (mask_before r)]).
    unfold and_last. rewrite Hd. res_simpl. rewrite Hi, zlookup_nat.
    rewrite lookup_app_r, Nat.sub_diag by lia. cbn [lookup list_lookup]. res_simpl.
    rewrite zinsert_nat, insert_app_r_alt, Nat.sub_diag by lia. cbn [insert list_insert].
    apply Forall_app in Hu as [Hu1 Hu2]. apply Forall_cons in Hu2 as [Hu2 _].
    assert (Hq : m_size bf = 8 * Z.of_nat (length d) + r).
    { pose proof (Z.div_mod (m_size bf) 8). unfold r.
      rewrite length_bits, length_app in Hb. simpl in Hb. lia. }
    repeat split.
    + unfold zlen. by rewrite !length_app.
    + apply Forall_app. split; [done|]. apply Forall_singleton. apply is_u8_land; [done|apply u8_range].
    + rewrite !bits_app. change (bits [?x]) with (byte_bits x ++ []).
      rewrite !app_nil_r, byte_bits_before by done.
      rewrite take_app_ge by (rewrite length_bits; lia).
      rewrite <- !app_assoc, length_app, !length_bits, length_byte_bits. do 2 f_equal.
      * f_equal. lia.
      * f_equal. lia.
Qed.

(** ** The invariant *)

Lemma nset_insert d d' i g v : bits d' = <[i := v]> (bits d) -> bits d !! i = Some g ->
  Z.of_nat (nset d') = Z.of_nat (nset d) + b2z v - b2z g.
Proof.
  intros E Hg. unfold nset. rewrite E.
  pose proof (count_insert id _ _ _ v Hg) as H. unfold id in H at 2 4.
  unfold b2z. destruct v, g; lia.
Qed.

Lemma nset_u32 bf d : shape bf -> m_data bf = Some d -> 0 <= Z.of_nat (nset d) < 2 ^ 32.
Proof.
  intros Hs Hd. destruct (shape_length bf d Hs Hd) as [? _].
  destruct Hs as [? _]. unfold nset. pose proof (count_le id (bits d)). lia.
Qed.

(** A bitfield that holds a given sequence of bits. *)
Definition holds (bf : Bitfield) (size : Z) (l : list bool) : Prop :=
  wf bf /\ m_size bf = size /\ exists d, m_data bf = Some d /\ bits d = l.

Lemma wf_intro bf d : shape bf -> m_data bf = Some d -> m_set bf = Z.of_nat (nset d) ->
  (forall i, m_size bf <= Z.of_nat i -> bits d !! i <> Some true) -> holds bf (m_size bf) (bits d).
Proof.
  intros ????. split; [|split; [done|by exists d]]. split; [done|].
  unfold counted. by simplify_option_eq.
Qed.

Lemma holds_get bf size l i : holds bf size l -> 0 <= i -> get bf i = of_deref (l !! Z.to_nat i).
Proof. intros (_ & _ & d & Hd & <-) Hi. by apply get_bits. Qed.

Lemma holds_in_range bf size l i : holds bf size l -> 0 <= i < size -> is_Some (l !! Z.to_nat i).
Proof.
  intros ((Hs & _) & <- & d & Hd & <-) Hi. destruct (bit_in_range bf d i Hs Hd Hi). eauto.
Qed.

Lemma set_holds bf size l i : holds bf size l -> 0 <= i < size ->
  exists bf', set bf i = Ok bf' /\ holds bf' size (<[Z.to_nat i := true]> l).
Proof.
  intros (Hwf & <- & d & Hd & <-) Hi. destruct Hwf as [Hs Hc].
  destruct (bit_in_range bf d i Hs Hd Hi) as [g Hg].
  destruct (shape_length bf d Hs Hd) as (_ & Hu & Hl).
  destruct (set_bits bf d i g Hd ltac:(lia) Hu Hg) as (d' & Hset & Hb & Hl' & Hu').
  eexists. split; [exact Hset|]. rewrite <- Hb.
  assert (Hs' : shape (mkBitfield (m_size bf) (u32 (m_set bf + b2z (negb g))) (Some d'))).
  { destruct Hs as [? _]. split; [done|]. split; [|done]. simpl. by rewrite Hl', Hl. }
  apply (wf_intro _ d' Hs' eq_refl); simpl; unfold counted in Hc; rewrite Hd in Hc;
    destruct Hc as [Hm Ht].
  - pose proof (nset_u32 _ d' Hs' eq_refl). pose proof (nset_insert d d' _ g true Hb Hg).
    assert (m_set bf + b2z (negb g) = Z.of_nat (nset d')) as -> by (unfold b2z in *; destruct g; simpl in *; lia).
    by apply u32_small.
  - intros k Hk. rewrite Hb, list_lookup_insert_ne by lia. by apply Ht.
Qed.

Lemma unset_holds bf size l i : holds bf size l -> 0 <= i < size ->
  exists bf', unset bf i = Ok bf' /\ holds bf' size (<[Z.to_nat i := false]> l).
Proof.
  intros (Hwf & <- & d & Hd & <-) Hi. destruct Hwf as [Hs Hc].
  destruct (bit_in_range bf d i Hs Hd Hi) as [g Hg].
  destruct (shape_length bf d Hs Hd) as (_ & Hu & Hl).
  destruct (unset_bits bf d i g Hd ltac:(lia) Hu Hg) as (d' & Hset & Hb & Hl' & Hu').
  eexists. split; [exact Hset|]. rewrite <- Hb.
  assert (Hs' : shape (mkBitfield (m_size bf) (u32 (m_set bf - b2z g)) (Some d'))).
  { destruct Hs as [? _]. split; [done|]. split; [|done]. simpl. by rewrite Hl', Hl. }
  apply (wf_intro _ d' Hs' eq_refl); simpl; unfold counted in Hc; rewrite Hd in Hc;
    destruct Hc as [Hm Ht].
  - pose proof (nset_u32 _ d' Hs' eq_refl). pose proof (nset_insert d d' _ g false Hb Hg).
    assert (m_set bf - b2z g = Z.of_nat (nset d')) as -> by (unfold b2z in *; destruct g; simpl in *; lia).
    by apply u32_small.
  - intros k Hk. rewrite Hb, list_lookup_insert_ne by lia. by apply Ht.
Qed.

Lemma range_loop_wf f n bf first size l :
  (forall bf l i, holds bf size l -> 0 <= i < size ->
     exists bf' l', f bf i = Ok bf' /\ holds bf' size l') ->
  size < 2 ^ 32 -> holds bf size l -> 0 <= first -> first + Z.of_nat n <= size ->
  exists bf' l', range_loop f n bf first = Ok bf' /\ holds bf' size l'.
Proof.
  intros Hf Hsz. revert bf first l. induction n as [|n IH]; intros bf first l Hh H0 Hn; [by eauto|].
  destruct (Hf bf l first Hh ltac:(lia)) as (bf1 & l1 & H1 & Hh1).
  cbn [range_loop]. rewrite H1. res_simpl. width. apply (IH bf1 (first + 1) l1); (done || lia).
Qed.

Lemma cut_tail_lookup n (l : list bool) i :
  (n <= i)%nat -> (take n l ++ replicate (length l - n) false) !! i <> Some true.
Proof.
  intros Hi. rewrite lookup_app_r by (rewrite length_take; lia).
  intros H. apply lookup_replicate in H as [[=] _].
Qed.

(** Clearing the tail and then counting re-establishes the invariant from the
    shape of the data alone. *)
Lemma clear_count_holds bf d set : shape bf -> m_data bf = Some d ->
  (forall d', zlen d' = zlen d -> Forall is_u8 d' ->
     bits d' = take (Z.to_nat (m_size bf)) (bits d) ++
               replicate (length (bits d) - Z.to_nat (m_size bf)) false ->
     set d' = Z.of_nat (nset d')) ->
  exists d', clear_tail bf = Ok (mkBitfield (m_size bf) (m_set bf) (Some d')) /\
    holds (mkBitfield (m_size bf) (set d') (Some d')) (m_size bf)
      (take (Z.to_nat (m_size bf)) (bits d) ++
       replicate (length (bits d) - Z.to_nat (m_size bf)) false).
Proof.
  intros Hs Hd Hset. destruct (clear_tail_bits bf d Hs Hd) as (d' & Hc & Hl & Hu & Hb).
  destruct (shape_length bf d Hs Hd) as (_ & _ & Hl').
  exists d'. split; [done|]. rewrite <- Hb.
  apply (wf_intro (mkBitfield (m_size bf) (set d') (Some d')) d'); simpl; auto.
  - destruct Hs as [? _]. split; [done|]. split; [|done]. by rewrite Hl.
  - intros i Hi. rewrite Hb. apply cut_tail_lookup. lia.
Qed.

Lemma update_holds bf d : shape bf -> m_data bf = Some d ->
  exists bf', update bf = Ok bf' /\
    holds bf' (m_size bf) (take (Z.to_nat (m_size bf)) (bits d) ++
       replicate (length (bits d) - Z.to_nat (m_size bf)) false).
Proof.
  intros Hs Hd. destruct (shape_length bf d Hs Hd) as (Hb & Hu & Hl).
  destruct (clear_count_holds bf d update_count Hs Hd) as (d' & Hc & Hh).
  - intros d' Hl' Hu' _. apply update_count_spec; [done|].
    destruct Hs as [? _]. rewrite length_bits in Hb. unfold zlen in *. lia.
  - eexists. unfold update. rewrite Hc. res_simpl. split; [done|]. exact Hh.
Qed.

Lemma bits_replicate_ff n : bits (replicate n 255) = replicate (8 * n) true.
Proof.
  induction n as [|n IH]; [done|]. change (replicate (S n) 255) with (255 :: replicate n 255).
  rewrite bits_cons, IH. change (byte_bits 255) with (replicate 8 true). rewrite <- replicate_add. f_equal. lia.
Qed.

Lemma count_replicate b n : count id (replicate n b) = if b then n else 0%nat.
Proof.
  induction n as [|n IH]; [by destruct b|]. cbn [replicate].
  rewrite count_cons, IH. by destruct b.
Qed.

Lemma fill_data bf d v : shape bf -> m_data bf = Some d -> 
  fill bf v = Ok (Some (replicate (length d) v)).
Proof.
  intros Hs Hd. destruct (shape_length bf d Hs Hd) as (_ & _ & Hl).
  unfold fill. rewrite Hd, <- Hl, Z.ltb_irrefl. res_simpl. unfold zlen.
  by rewrite Nat2Z.id, drop_all, app_nil_r.
Qed.

Lemma replicate_shape bf d set v : shape bf -> m_data bf = Some d -> is_u8 v ->
  shape (mkBitfield (m_size bf) set (Some (replicate (length d) v))).
Proof.
  intros Hs Hd Hv. destruct (shape_length bf d Hs Hd) as (_ & _ & Hl).
  destruct Hs as [? _]. split; [done|]. split; [|by apply Forall_replicate].
  unfold zlen. rewrite length_replicate. exact Hl.
Qed.

Lemma set_all_holds bf d : shape bf -> m_data bf = Some d ->
  exists bf', set_all bf = Ok bf' /\
    holds bf' (m_size bf) (replicate (Z.to_nat (m_size bf)) true ++
       replicate (length (bits d) - Z.to_nat (m_size bf)) false).
Proof.
  intros Hs Hd. destruct (shape_length bf d Hs Hd) as (Hb & _ & _).
  assert (H0 : 0 <= m_size bf) by apply Hs.
  unfold set_all. rewrite (fill_data bf d _ Hs Hd). res_simpl.
  change (u8 (Z.lnot 0)) with 255.
  set (bf1 := mkBitfield (m_size bf) (m_size bf) (Some (replicate (length d) 255))).
  assert (Hs1 : shape bf1) by (apply replicate_shape; [done..|unfold is_u8; lia]).
  destruct (clear_count_holds bf1 _ (fun _ => m_size bf) Hs1 eq_refl) as (d' & Hc & Hh).
  - intros d' _ _ E. unfold nset. change (m_size bf1) with (m_size bf) in E.
    rewrite E, bits_replicate_ff, count_app, take_replicate, !count_replicate.
    rewrite length_bits in Hb. lia.
  - rewrite Hc. eexists. split; [done|]. change (m_size bf1) with (m_size bf) in Hh |- *.
    rewrite bits_replicate_ff, take_replicate, length_replicate in Hh.
    rewrite length_bits in *. replace (_ `min` _)%nat with (Z.to_nat (m_size bf)) in Hh by lia.
    exact Hh.
Qed.

Lemma unset_all_holds bf d : shape bf -> m_data bf = Some d ->
  exists bf', unset_all bf = Ok bf' /\
    holds bf' (m_size bf) (replicate (length (bits d)) false).
Proof.
  intros Hs Hd. unfold unset_all. rewrite (fill_data bf d _ Hs Hd). res_simpl.
  eexists. split; [done|].
  assert (Hz : bits (replicate (length d) 0) = replicate (length (bits d)) false).
  { rewrite length_bits. induction (length d) as [|n IH]; [done|].
    change (replicate (S n) 0) with (0 :: replicate n 0).
    rewrite bits_cons, IH. change (byte_bits 0) with (replicate 8 false).
    rewrite <- replicate_add. f_equal. lia. }
  rewrite <- Hz.
  apply (wf_intro (mkBitfield (m_size bf) 0 _)); [|done| |].
  - apply replicate_shape; [done..|unfold is_u8; lia].
  - by rewrite nset_replicate0.
  - simpl. intros i _ H. rewrite Hz in H. by apply lookup_replicate in H as [[=] _].
Qed.

Lemma from_c_str_holds bf d str : shape bf -> m_data bf = Some d ->
  size_bytes bf <= zlen str -> Forall is_u8 str ->
  exists bf' l, from_c_str bf str = Ok bf' /\ holds bf' (m_size bf) l.
Proof.
  intros Hs Hd Hl Hu. destruct (shape_length bf d Hs Hd) as (_ & _ & Hld).
  unfold from_c_str. rewrite (proj2 (Z.ltb_ge (zlen str) (size_bytes bf))) by lia. res_simpl.
  rewrite Hd, <- Hld, Z.ltb_irrefl. res_simpl. unfold zlen at 1 2.
  rewrite Nat2Z.id, drop_all, app_nil_r.
  edestruct (update_holds (mkBitfield (m_size bf) (m_set bf) (Some (take (length d) str))))
    as (bf' & H & Hh); [|done|eauto].
  destruct Hs as [? _]. split; [done|]. split; [|by apply Forall_take].
  match goal with |- _ = size_bytes ?b => change (size_bytes b) with (size_bytes bf) end.
  unfold zlen in *. rewrite length_take. lia.
Qed.

Lemma allocate_holds bf : shape bf -> m_data bf = None -> m_set bf = 0 ->
  exists l, holds (allocate bf) (m_size bf) l.
Proof.
  intros Hs Hd H0. unfold allocate. rewrite Hd.
  pose proof (size_bytes_bound bf ltac:(apply Hs)). destruct Hs as [? _].
  eexists. apply (wf_intro (mkBitfield (m_size bf) (m_set bf) _)); [|done| |].
  - split; [done|]. split; [|apply Forall_replicate; unfold is_u8; lia].
    match goal with |- _ = size_bytes ?b => change (size_bytes b) with (size_bytes bf) end.
    unfold zlen. rewrite length_replicate. lia.
  - by rewrite nset_replicate0.
  - simpl. intros i _ Hi. apply list_elem_of_lookup_2 in Hi.
    pose proof (nset_replicate0 (Z.to_nat (size_bytes bf))) as Hn.
    unfold nset in Hn. apply count_zero in Hn. rewrite Forall_forall in Hn.
    by specialize (Hn true Hi).
Qed.

Lemma not_empty_data bf : empty bf = false -> exists d, m_data bf = Some d.
Proof. unfold empty. destruct (m_data bf); [eauto|done]. Qed.

Lemma wf_holds bf d : wf bf -> m_data bf = Some d -> holds bf (m_size bf) (bits d).
Proof. intros ??. split; [done|]. split; [done|]. eauto. Qed.

Lemma allocate_stale bf : shape bf -> m_data bf = None -> miscounted bf (allocate bf).
Proof.
  intros Hs Hd. unfold allocate. rewrite Hd. pose proof (size_bytes_bound bf ltac:(apply Hs)) as Hb. destruct Hs as [? _].
  split; [|split; [done|split; [done|]]].
  - split; [done|]. split; [|apply Forall_replicate; unfold is_u8; lia].
    match goal with |- _ = size_bytes ?b => change (size_bytes b) with (size_bytes bf) end.
    unfold zlen. rewrite length_replicate. lia.
  - eexists. split; [reflexivity|]. apply nset_replicate0.
Qed.

Lemma copy_wf bf src : wf src -> copy bf src = Ok src.
Proof.
  intros [Hs Hc]. unfold copy. destruct src as [size set [d|]]; [|done].
  cbn [m_data m_size m_set unallocate allocate]. destruct Hs as [? [Hl _]]. cbn [m_size m_data] in *.
  change (size_bytes (mkBitfield size set (Some d))) with (size_bytes (mkBitfield size set None)) in Hl.
  match goal with |- context [size_bytes ?b] => change (size_bytes b) with (size_bytes (mkBitfield size set None)) end.
  rewrite (proj2 (Z.ltb_ge _ _)) by lia. res_simpl. unfold zlen in Hl. rewrite take_ge by lia. done.
Qed.

(** ** Properties *)

(** C35: On a consistent bitfield (as many bytes as the size asks for, the
    cached [m_set] equal to the number of set bits, no bit set beyond the size)
    setting a size is refused when there is data, and a number of set bits also
    when it is larger than the size.  Every other mutating call, made with
    indices in range and sizes below 2^32 - 7, returns without undefined
    behaviour, and leaves a consistent bitfield, with one exception: allocating
    while the count is not zero, as after [unallocate], keeps the old count
    although all bits are off. *)
Theorem apply_preserves_wf (o : op) (bf : Bitfield) :
  wf bf -> op_ok o bf ->
  (refused o bf -> apply o bf = Throw internal_error) /\
  (~ refused o bf -> exists bf', apply o bf = Ok bf' /\
    (stale_count o bf -> miscounted bf bf') /\ (~ stale_count o bf -> wf bf')).
Proof.
  intros Hwf Ho. split.
  { destruct o; try done; cbn [refused apply]; unfold set_size_bits, set_size_set; intros Hr.
    - by rewrite Hr.
    - destruct Hr as [-> |Hr]; [by rewrite orb_true_r|]. by rewrite (proj2 (Z.ltb_lt _ _) Hr). }
  intros Hnr. assert (Hs : shape bf) by apply Hwf.
  assert (Hsz : m_size bf < 2 ^ 32) by (destruct Hs; lia).
  assert (Hr : forall f first last, f = set \/ f = unset -> empty bf = false ->
             0 <= first <= last -> last <= m_size bf ->
             exists bf' l, range_loop f (Z.to_nat (u32 (last - first))) bf first = Ok bf' /\
                      holds bf' (m_size bf) l).
  { intros f first last Hf He H1 H2. destruct (not_empty_data bf He) as [d Hd].
    apply (range_loop_wf f _ bf first (m_size bf) (bits d)); try done; try lia.
    - intros bf1 l i Hh Hi.
      destruct Hf as [-> | ->]; [destruct (set_holds _ _ _ _ Hh Hi) as (? & ? & ?)
                                |destruct (unset_holds _ _ _ _ Hh Hi) as (? & ? & ?)]; eauto.
    - by apply wf_holds.
    - width. lia. }
  assert (Hdone : forall r, (exists bf', r = Ok bf' /\ wf bf') -> ~ stale_count o bf ->
    exists bf', r = Ok bf' /\ (stale_count o bf -> miscounted bf bf') /\ (~ stale_count o bf -> wf bf')).
  { intros r (bf' & -> & H1) Hst. exists bf'. split; [done|]. split; [by intros ?|done]. }
  assert (Halloc : o = OpAllocate \/ o <> OpAllocate) by (destruct o; (by left) || by right).
  destruct Halloc as [->|Hna].
  { exists (allocate bf). split; [done|]. destruct (m_data bf) as [d|] eqn:E.
    - unfold allocate. rewrite E. split; [|done]. intros [He _]. unfold empty in He. by rewrite E in He.
    - split; [intros _; by apply allocate_stale|]. intros Hn. destruct (allocate_holds bf Hs E) as (l & Hh & _); [|done].
      cbn [stale_count] in Hn. unfold empty in Hn. rewrite E in Hn. destruct (decide (m_set bf = 0)); [done|]. by destruct Hn. }
  apply Hdone; [|destruct o; try (by intros []); by destruct Hna]. clear Hdone.
  destruct o; simpl in Hnr, Ho |- *; destruct_and?;
    try (destruct (not_empty_data bf ltac:(done)) as [d Hd]).
  - unfold set_size_bits, empty in *. destruct (m_data bf) eqn:E; [by destruct Hnr|]. simpl.
    eexists. split; [done|]. split; [split|]; simpl; (done || lia).
  - unfold set_size_set, empty in *. destruct (m_data bf) eqn:E; [exfalso; apply Hnr; by left|].
    rewrite (proj2 (Z.ltb_ge _ _)); [|destruct (Z.le_gt_cases s (m_size bf)); [done|exfalso; apply Hnr; by right]].
    simpl. eexists. split; [done|]. split; [split|]; simpl; (done || apply Hs).
  - by destruct Hna.
  - eexists. split; [done|]. split; [split|]; simpl; (done || apply Hs).
  - eexists. split; [done|]. split; [split|]; simpl; (done || lia).
  - destruct (update_holds bf d Hs Hd) as (bf' & ? & ? & _). eauto.
  - destruct (set_all_holds bf d Hs Hd) as (bf' & ? & ? & _). eauto.
  - destruct (unset_all_holds bf d Hs Hd) as (bf' & ? & ? & _). eauto.
  - destruct (set_holds bf _ _ i (wf_holds bf d Hwf Hd) ltac:(done)) as (bf' & ? & ? & _). eauto.
  - destruct (unset_holds bf _ _ i (wf_holds bf d Hwf Hd) ltac:(done)) as (bf' & ? & ? & _). eauto.
  - destruct (Hr set first last0) as (bf' & l & ? & ? & _); eauto.
  - destruct (Hr unset first last0) as (bf' & l & ? & ? & _); eauto.
  - destruct (from_c_str_holds bf d str) as (bf' & l & ? & ? & _); eauto.
  - rewrite (copy_wf bf src) by done. eauto.
  - eauto.
Qed.

(** A ten-chunk bitfield with two chunks set. *)
Definition sample : Bitfield := mkBitfield 10 2 (Some [129; 0]).

Lemma sample_wf : wf sample.
Proof.
  split; [split|split]; simpl; try lia; try done.
  - split; [done|]. repeat constructor; done.
  - intros i Hi Hb. do 10 (destruct i as [|i]; [lia|]).
    do 6 (destruct i as [|i]; [vm_compute in Hb; discriminate Hb|]).
    apply lookup_lt_Some in Hb. rewrite length_bits in Hb. simpl in Hb. lia.
Qed.

Lemma apply_preserves_wf_witness :
  (exists bf', apply (OpSetRange 3 7) sample = Ok bf' /\ wf bf') /\
  miscounted (unallocate sample) (allocate (unallocate sample)).
Proof.
  split.
  - destruct (apply_preserves_wf (OpSetRange 3 7) sample sample_wf) as [_ H]; [simpl; split; [reflexivity|lia]|].
    destruct (H (fun x => x)) as (bf' & E & _ & Hw). exists bf'. split; [exact E|]. apply Hw. intros [].
  - destruct (apply_preserves_wf OpAllocate (unallocate sample)) as [_ H]; [|exact I|].
    { destruct sample_wf as [[Hz _] _]. by split. }
    destruct (H (fun x => x)) as (bf' & E & Hm & _). injection E as <-. by apply Hm.
Defined.

(** [set] turns the one chunk on, changes no other chunk, and raises
    [size_set] by one exactly when the chunk was off; [get] reads it back. *)
Theorem set_get (bf bf' : Bitfield) (i j : Z) (g : bool) :
  wf bf -> 0 <= i < m_size bf -> 0 <= j < m_size bf -> get bf j = Ok g ->
  set bf i = Ok bf' ->
  get bf' j = Ok (if i =? j then true else g) /\
  size_bits bf' = size_bits bf /\
  exists gi, get bf i = Ok gi /\ size_set bf' = size_set bf + b2z (negb gi).
Proof.
  intros Hwf Hi Hj Hg Hset. destruct (m_data bf) as [d|] eqn:Hd.
  2: { unfold get, byte_at in Hg. by rewrite Hd in Hg. }
  pose proof (wf_holds bf d Hwf Hd) as Hh.
  destruct (set_holds bf _ _ i Hh Hi) as (bf1 & H1 & Hh1). res_det.
  rewrite (holds_get bf1 _ _ j Hh1) by lia.
  rewrite (holds_get bf _ _ j Hh) in Hg by lia. rewrite (holds_get bf _ _ i Hh) by lia.
  destruct (bit_in_range bf d i ltac:(apply Hwf) Hd Hi) as [gi Hgi].
  split; [|split].
  - destruct (Z.eqb_spec i j) as [->|].
    + rewrite list_lookup_insert_eq by (by apply lookup_lt_Some in Hgi). done.
    + by rewrite list_lookup_insert_ne by lia.
  - apply Hh1.
  - exists gi. rewrite Hgi. split; [done|]. unfold size_set.
    destruct Hwf as [Hs Hc]. unfold counted in Hc. rewrite Hd in Hc. destruct Hc as [-> _].
    destruct Hh1 as ([_ Hc1] & _ & d1 & Hd1 & Hb1). unfold counted in Hc1.
    rewrite Hd1 in Hc1. destruct Hc1 as [-> _]. rewrite (nset_insert d d1 _ gi true Hb1 Hgi).
    unfold b2z. destruct gi; simpl; lia.
Qed.

Lemma set_get_witness : get sample 3 = Ok false /\
  exists bf', set sample 3 = Ok bf' /\ get bf' 7 = Ok true /\ size_set bf' = 3.
Proof.
  split; [reflexivity|]. eexists. split; [reflexivity|].
  destruct (set_get sample (mkBitfield 10 3 (Some [145; 0])) 3 7 true) as (H1 & _);
    [exact sample_wf|simpl; lia|simpl; lia|reflexivity|reflexivity|].
  split; [exact H1|reflexivity].
Defined.

(** [update] after the bytes were written directly clears the bits beyond the
    size, keeps the others, and its eight/four/one-byte population count makes
    [m_set] the number of set bits. *)
Theorem update_recounts (bf : Bitfield) (d : list Z) :
  shape bf -> m_data bf = Some d ->
  exists bf' d', update bf = Ok bf' /\ m_data bf' = Some d' /\
    size_set bf' = Z.of_nat (count id (bits d')) /\
    (forall i, bits d' !! i =
       if decide (Z.of_nat i < m_size bf) then bits d !! i
       else (fun _ => false) <$> bits d !! i).
Proof.
  intros Hs Hd. destruct (update_holds bf d Hs Hd) as (bf' & Hu & Hh).
  destruct (shape_length bf d Hs Hd) as (Hb & _).
  destruct Hh as ([_ Hc] & _ & d' & Hd' & Hbits). unfold counted in Hc. rewrite Hd' in Hc.
  exists bf', d'. repeat split; [done..|apply Hc|]. intros i. rewrite Hbits.
  case_decide.
  - rewrite lookup_app_l by (rewrite length_take; lia). apply lookup_take_lt. lia.
  - rewrite lookup_app_r by (rewrite length_take; lia). rewrite length_take.
    destruct (decide (i < length (bits d))%nat) as [Hi|Hi].
    + destruct (lookup_lt_is_Some_2 (bits d) i Hi) as [g ->]. simpl.
      apply lookup_replicate. split; [done|lia].
    + rewrite (lookup_ge_None_2 (bits d)) by lia. apply lookup_ge_None_2.
      rewrite length_replicate. lia.
Qed.

Lemma update_recounts_witness :
  exists bf' d', update (mkBitfield 10 0 (Some [129; 255])) = Ok bf' /\ m_data bf' = Some d' /\
    size_set bf' = 4.
Proof.
  destruct (update_recounts (mkBitfield 10 0 (Some [129; 255])) [129; 255])
    as (bf' & d' & H1 & H2 & H3 & _); [|reflexivity|].
  - split; [simpl; lia|]. split; [reflexivity|]. repeat constructor; done.
  - exists bf', d'. split; [exact H1|]. split; [exact H2|].
    vm_compute in H1. injection H1 as <-. reflexivity.
Defined.

Lemma find_first_set_loop_spec n bf size l first last :
  holds bf size l -> size < 2 ^ 32 -> 0 <= first -> last <= size ->
  Z.of_nat n = Z.max 0 (last - first) ->
  exists r, find_first_set_loop n bf first last = Ok r /\
    (r = last \/ first <= r < last /\ l !! Z.to_nat r = Some true) /\
    forall j, first <= j < last -> j < r -> l !! Z.to_nat j = Some false.
Proof.
  intros Hh Hsz. revert first. induction n as [|n IH]; intros first H0 Hl Hn.
  - exists last. repeat split; [by left|lia].
  - cbn [find_first_set_loop]. rewrite (proj2 (Z.ltb_lt _ _)) by lia.
    rewrite (holds_get bf size l first Hh H0).
    destruct (holds_in_range bf size l first Hh ltac:(lia)) as [g Hg]. rewrite Hg. res_simpl.
    destruct g.
    + exists first. repeat split; [right; split; [lia|done]|lia].
    + width. destruct (IH (first + 1)) as (r & Hr & Hc & Hm); [lia..|].
      exists r. split; [done|]. split.
      * destruct Hc as [?|[? ?]]; [by left|right; split; [lia|done]].
      * intros j Hj Hjr. destruct (Z.eq_dec j first) as [->|]; [done|]. apply Hm; lia.
Qed.

(** [find_first_set] returns the least set chunk of [first, last), and
    [last] exactly when the interval has none. *)
Theorem find_first_set_least (bf : Bitfield) (first last : Z) :
  wf bf -> empty bf = false -> 0 <= first -> last <= m_size bf ->
  exists r, find_first_set bf first last = Ok r /\
    (r = last \/ first <= r < last /\ get bf r = Ok true) /\
    forall j, first <= j < last -> j < r -> get bf j = Ok false.
Proof.
  intros Hwf He H0 Hl. destruct (not_empty_data bf He) as [d Hd].
  pose proof (wf_holds bf d Hwf Hd) as Hh.
  assert (Hsz : m_size bf < 2 ^ 32) by (destruct Hwf as [[? _] _]; lia).
  destruct (find_first_set_loop_spec (Z.to_nat (last - first)) bf _ _ first last Hh Hsz)
    as (r & Hr & Hc & Hm); [lia..|].
  exists r. split; [done|]. split.
  - destruct Hc as [?|[? Hb]]; [by left|right]. split; [done|].
    rewrite (holds_get bf _ _ r Hh) by lia. by rewrite Hb.
  - intros j Hj Hjr. rewrite (holds_get bf _ _ j Hh) by lia. by rewrite Hm.
Qed.

Lemma find_first_set_least_witness : find_first_set sample 1 10 = Ok 7.
Proof.
  destruct (find_first_set_least sample 1 10) as (r & Hr & _ & _);
    [exact sample_wf|reflexivity|lia|simpl; lia|].
  rewrite Hr. vm_compute in Hr. injection Hr as <-. reflexivity.
Defined.

(** ** What clients use *)

(** [m_set] only counts the chunks below [m_size]. *)
Lemma wf_count bf d : wf bf -> m_data bf = Some d ->
  m_set bf = Z.of_nat (count id (take (Z.to_nat (m_size bf)) (bits d))) /\
  (Z.to_nat (m_size bf) <= length (bits d))%nat.
Proof.
  intros [Hs Hc] Hd. destruct (shape_length bf d Hs Hd) as (Hb & _).
  assert (0 <= m_size bf) by apply Hs.
  unfold counted in Hc. rewrite Hd in Hc. destruct Hc as [-> Ht]. split; [|lia].
  unfold nset. rewrite <- (take_drop (Z.to_nat (m_size bf)) (bits d)) at 1.
  rewrite count_app. enough (count id (drop (Z.to_nat (m_size bf)) (bits d)) = 0%nat) by lia.
  apply count_zero, Forall_lookup_2. intros i b Hi. rewrite lookup_drop in Hi.
  destruct b; [|done]. exfalso. apply (Ht (Z.to_nat (m_size bf) + i)%nat); [lia|done].
Qed.

Lemma Forall_take_bits bf d v : wf bf -> m_data bf = Some d ->
  Forall (fun b => id b = v) (take (Z.to_nat (m_size bf)) (bits d)) <->
  forall i, 0 <= i < m_size bf -> get bf i = Ok v.
Proof.
  intros Hwf Hd. destruct (wf_count bf d Hwf Hd) as [_ Hl]. rewrite Forall_lookup. split.
  - intros H i Hi. rewrite (get_bits bf d i Hd) by lia.
    destruct (bit_in_range bf d i ltac:(apply Hwf) Hd Hi) as [g Hg]. rewrite Hg.
    rewrite <- (H (Z.to_nat i) g); [done|]. by rewrite lookup_take_lt by lia.
  - intros H i b Hi. apply lookup_take_Some in Hi as [Hi Hlt].
    specialize (H (Z.of_nat i) ltac:(lia)). rewrite (get_bits bf d) in H by (done || lia).
    rewrite Nat2Z.id, Hi in H. by injection H as ->.
Qed.

(** The bit at an index, as a total function. *)
Definition bit (bf : Bitfield) (i : Z) : bool := res_value false (get bf i).

(** An allocated, consistent bitfield over [n] chunks. *)
Definition ready (n : Z) (bf : Bitfield) : Prop :=
  wf bf /\ empty bf = false /\ m_size bf = n.

Lemma ready_holds n bf : ready n bf -> exists l, holds bf n l.
Proof.
  intros (Hwf & He & <-). destruct (not_empty_data bf He) as [d Hd].
  exists (bits d). by apply wf_holds.
Qed.

Lemma holds_ready n bf l : holds bf n l -> ready n bf.
Proof.
  intros (Hwf & Hs & d & Hd & _). split; [done|]. split; [|done]. unfold empty. by rewrite Hd.
Qed.

Lemma holds_bit n bf l i : holds bf n l -> 0 <= i < n -> l !! Z.to_nat i = Some (bit bf i).
Proof.
  intros Hh Hi. destruct (holds_in_range bf n l i Hh Hi) as [g Hg].
  unfold bit. rewrite (holds_get bf n l i Hh) by lia. by rewrite Hg.
Qed.

Lemma get_bit n bf i : ready n bf -> 0 <= i < n -> get bf i = Ok (bit bf i).
Proof.
  intros Hr Hi. destruct (ready_holds n bf Hr) as [l Hh].
  rewrite (holds_get bf n l i Hh) by lia. by rewrite (holds_bit n bf l i Hh Hi).
Qed.

Lemma set_bit n bf i : ready n bf -> 0 <= i < n ->
  exists bf', set bf i = Ok bf' /\ ready n bf' /\
    forall j, 0 <= j < n -> bit bf' j = (i =? j) || bit bf j.
Proof.
  intros Hr Hi. destruct (ready_holds n bf Hr) as [l Hh].
  destruct (set_holds bf n l i Hh Hi) as (bf' & Hs & Hh').
  exists bf'. split; [done|]. split; [by eapply holds_ready|]. intros j Hj.
  pose proof (holds_bit n bf' _ j Hh' Hj) as E. pose proof (holds_bit n bf _ j Hh Hj) as E0.
  destruct (Z.eqb_spec i j) as [->|].
  - rewrite list_lookup_insert_eq in E by (by apply lookup_lt_Some in E0). simpl. congruence.
  - rewrite list_lookup_insert_ne in E by lia. simpl. congruence.
Qed.

Lemma unset_bit n bf i : ready n bf -> 0 <= i < n ->
  exists bf', unset bf i = Ok bf' /\ ready n bf' /\
    forall j, 0 <= j < n -> bit bf' j = negb (i =? j) && bit bf j.
Proof.
  intros Hr Hi. destruct (ready_holds n bf Hr) as [l Hh].
  destruct (unset_holds bf n l i Hh Hi) as (bf' & Hs & Hh').
  exists bf'. split; [done|]. split; [by eapply holds_ready|]. intros j Hj.
  pose proof (holds_bit n bf' _ j Hh' Hj) as E. pose proof (holds_bit n bf _ j Hh Hj) as E0.
  destruct (Z.eqb_spec i j) as [->|].
  - rewrite list_lookup_insert_eq in E by (by apply lookup_lt_Some in E0). simpl. congruence.
  - rewrite list_lookup_insert_ne in E by lia. simpl. congruence.
Qed.

Lemma find_first_set_bit n bf first last : ready n bf -> 0 <= first -> last <= n ->
  exists r, find_first_set bf first last = Ok r /\
    (r = last \/ first <= r < last /\ bit bf r = true) /\
    forall j, first <= j < last -> j < r -> bit bf j = false.
Proof.
  intros Hr H0 Hl. destruct (ready_holds n bf Hr) as [l Hh].
  assert (Hsz : n < 2 ^ 32) by (destruct Hr as ([[? _] _] & _ & <-); lia).
  destruct (find_first_set_loop_spec (Z.to_nat (last - first)) bf n l first last Hh Hsz)
    as (r & Hr' & Hc & Hm); [lia..|].
  exists r. split; [done|]. split.
  - destruct Hc as [?|[? Hb]]; [by left|right]. split; [done|].
    rewrite (holds_bit n bf l r Hh) in Hb by lia. congruence.
  - intros j Hj Hjr. specialize (Hm j Hj Hjr). rewrite (holds_bit n bf l j Hh) in Hm by lia.
    congruence.
Qed.

(** [is_all_set] means every chunk is set, [is_all_unset] that none is. *)
Lemma is_all_set_iff n bf : ready n bf ->
  is_all_set bf = true <-> forall i, 0 <= i < n -> bit bf i = true.
Proof.
  intros Hr. pose proof Hr as (Hwf & He & Hn). destruct (not_empty_data bf He) as [d Hd].
  assert (is_all_set bf = true <-> forall i, 0 <= i < m_size bf -> get bf i = Ok true) as ->.
  { rewrite <- (Forall_take_bits bf d true Hwf Hd), <- count_true_all.
    destruct (wf_count bf d Hwf Hd) as [Hm Hl]. assert (0 <= m_size bf) by apply Hwf.
    unfold is_all_set. rewrite Z.eqb_eq, Hm, length_take. split; lia. }
  rewrite Hn. split; intros H i Hi; specialize (H i Hi); rewrite (get_bit n) in *; congruence.
Qed.

Lemma is_all_unset_iff n bf : ready n bf ->
  is_all_unset bf = true <-> forall i, 0 <= i < n -> bit bf i = false.
Proof.
  intros Hr. pose proof Hr as (Hwf & He & Hn). destruct (not_empty_data bf He) as [d Hd].
  assert (is_all_unset bf = true <-> forall i, 0 <= i < m_size bf -> get bf i = Ok false) as ->.
  { rewrite <- (Forall_take_bits bf d false Hwf Hd), <- count_zero.
    destruct (wf_count bf d Hwf Hd) as [Hm Hl]. unfold is_all_unset. rewrite Z.eqb_eq, Hm. lia. }
  rewrite Hn. split; intros H i Hi; specialize (H i Hi); rewrite (get_bit n) in *; congruence.
Qed.

Lemma ready_size n bf : ready n bf -> 0 <= n < 2 ^ 32 - 7.
Proof. intros ([[? _] _] & _ & <-). lia. Qed.

(** The bits after the last chunk are not set. *)
Lemma ready_tail_cleared n bf : ready n bf -> is_tail_cleared bf = Ok true.
Proof.
  intros ([Hs Hc] & He & _). destruct (not_empty_data bf He) as [d Hd]. destruct (shape_length bf d Hs Hd) as (Hb & Hu & Hl).
  unfold counted in Hc. rewrite Hd in Hc. destruct Hc as [_ Ht]. pose proof (size_bytes_bound bf (proj1 Hs)) as Hsb. pose proof (proj1 Hs) as Hsz.
  unfold is_tail_cleared. destruct (m_size bf mod 8 =? 0) eqn:E; [done|]. bool_prop. rewrite Hd. cbn [of_deref mbind res_bind].
  pose proof (Z.mod_pos_bound (m_size bf) 8 ltac:(lia)) as Hr. pose proof (Z.div_mod (m_size bf) 8 ltac:(lia)) as Hq.
  set (r := m_size bf mod 8) in *. set (q := m_size bf / 8) in *. assert (Hq0 : 0 <= q) by (apply Z.div_pos; lia). assert (Hlast : size_bytes bf - 1 = q) by lia.
  destruct (lookup_lt_is_Some_2 d (Z.to_nat q)) as [b Hbq]; [unfold zlen in Hl; lia|]. rewrite Hlast. replace q with (Z.of_nat (Z.to_nat q)) at 1 by lia. rewrite zlookup_nat, Hbq.
  cbn [of_deref mbind res_bind]. f_equal. apply Z.eqb_eq, Z.bits_inj'. intros j Hj. rewrite Z.bits_0, Z.land_spec. unfold mask_from. rewrite Z.shiftr_spec by lia.
  destruct (Z.lt_ge_cases j (8 - r)) as [Hlt|Hge].
  - pose proof (bits_lookup d (Z.to_nat q) (7 - j) ltac:(lia)) as Eb. rewrite Hbq in Eb. cbn [fmap option_fmap option_map] in Eb. specialize (Ht (8 * Z.to_nat q + Z.to_nat (7 - j))%nat ltac:(lia)). rewrite Eb in Ht.
    assert (Hm : mask_at (7 - j) = 2 ^ j). { unfold mask_at. replace (7 - (7 - j)) with j by lia. rewrite Z.shiftl_mul_pow2, Z.mul_1_l by lia. unfold u8. apply Z.mod_small.
      split; [apply Z.pow_nonneg; lia|]. apply Z.pow_lt_mono_r; lia. }
    rewrite Hm, land_pow2 in Ht by lia. destruct (Z.testbit b j); [exfalso; by apply Ht|done].
  - assert (Z.testbit 255 (j + r) = false) as ->; [|by rewrite andb_false_r]. apply Z.bits_above_log2; [lia|]. change (Z.log2 255) with 7. lia.
Qed.

(** A decision procedure for [ready], for concrete bitfields. *)
Definition ready_check (n : Z) (bf : Bitfield) : bool :=
  match m_data bf with
  | None => false
  | Some d =>
      (0 <=? n) && (n <=? 2 ^ 32 - 8) && (m_size bf =? n) && (zlen d =? size_bytes bf) &&
      forallb (fun b => (0 <=? b) && (b <? 2 ^ 8)) d && (m_set bf =? Z.of_nat (nset d)) &&
      forallb negb (drop (Z.to_nat n) (bits d))
  end.

Lemma ready_check_ready n bf : ready_check n bf = true -> ready n bf.
Proof.
  unfold ready_check. destruct (m_data bf) as [d|] eqn:Ed; [|done]. intros H.
  apply andb_true_iff in H as [H Hd]. apply andb_true_iff in H as [H Hs].
  apply andb_true_iff in H as [H Hu]. bool_prop. subst n. split; [|by unfold empty; rewrite Ed].
  split; unfold shape, counted; rewrite Ed; (split; [done|]).
  - split; [done|]. apply Forall_forall. intros b Hb. apply list_elem_of_In in Hb.
    rewrite forallb_forall in Hu. specialize (Hu b Hb). bool_prop. done.
  - intros i Hi Hb. rewrite forallb_forall in Hd.
    assert (Hin : true ∈ drop (Z.to_nat (m_size bf)) (bits d)).
    { apply list_elem_of_lookup. exists (i - Z.to_nat (m_size bf))%nat. rewrite lookup_drop.
      rewrite <- Hb. f_equal. lia. }
    apply list_elem_of_In in Hin. by specialize (Hd true Hin).
Qed.

End Bitfield.
