(* ===== verification/Ranges.v ===== *)
(** * Sorted ranges (src/torrent/utils/ranges.h)

    [ranges<uint32_t>] keeps a set of chunk indices as a sorted vector of
    half-open intervals.  The operations below follow the template line by
    line; the theorems show that on a canonical vector (non-empty intervals,
    increasing, separated by gaps) they implement the set operations their
    names promise and keep the vector canonical. *)

From S2P Require Import Prelude.

Module Ranges.

Abbreviation range := (Z * Z)%type.
Abbreviation ranges := (list (Z * Z)).

(** ** Operations *)

Definition insert (r : range) (l : ranges) : ranges :=
  if r.2 <=? r.1 then l
  else
    let '(pre, post) := find_split (fun v : range => r.1 <=? v.2) l in
    match post with
    | [] => pre ++ [r]
    | first :: rest =>
        if r.2 <? first.1 then pre ++ r :: first :: rest
        else
          let first := (Z.min r.1 first.1, Z.max r.2 first.2) in
          let '(_, last) := find_split (fun v : range => first.2 <? v.2) (first :: rest) in
          match last with
          | lst :: tail =>
              if lst.1 <=? first.2 then pre ++ (first.1, lst.2) :: tail
              else pre ++ first :: lst :: tail
          | [] => pre ++ [first]
          end
    end.

Definition erase (r : range) (l : ranges) : ranges :=
  if r.2 <=? r.1 then l
  else
    let '(pre, post) := find_split (fun v : range => r.1 <? v.2) l in
    let '(mid, last) := find_split (fun v : range => r.2 <? v.2) post in
    match post with
    | [] => l
    | first :: rest =>
        match mid with
        | [] =>
            (* first == last *)
            if first.1 <? r.1 then pre ++ (first.1, r.1) :: (r.2, first.2) :: rest
            else if first.1 <? r.2 then pre ++ (r.2, first.2) :: rest
            else l
        | _ =>
            let kept := if first.1 <? r.1 then [(first.1, r.1)] else [] in
            let last :=
              match last with
              | lst :: tail => if lst.1 <? r.2 then (r.2, lst.2) :: tail else last
              | [] => []
              end in
            pre ++ kept ++ last
        end
    end.

(** The ranges from the first one that ends after [index]. *)
Definition find (index : Z) (l : ranges) : ranges :=
  snd (find_split (fun v : range => index <? v.2) l).

Definition has (index : Z) (l : ranges) : bool :=
  match find index l with
  | [] => false
  | itr :: _ => itr.1 <=? index
  end.

Fixpoint intersect_loop (last dist : Z) (l : ranges) : Z :=
  match l with
  | [] => dist
  | f :: l =>
      if f.1 <? last then intersect_loop last (u64 (dist + u32 (Z.min last f.2 - f.1))) l
      else dist
  end.

Definition intersect_distance (r : range) (l : ranges) : Z :=
  match find r.1 l with
  | [] => 0
  | first :: rest =>
      if r.2 <=? first.1 then 0
      else intersect_loop r.2 (u32 (Z.min r.2 first.2 - Z.max r.1 first.1)) rest
  end.

(** One step of the merge: extend [result.back()] or append. *)
Definition push_merge (result : ranges) (back next : range) : ranges * range :=
  if next.1 <=? back.2 then (result, (back.1, Z.max next.2 back.2))
  else (result ++ [back], next).

(** The two trailing loops of [create_union]; [result ++ [back]] is the vector. *)
Fixpoint union_tail (result : ranges) (back : range) (l : ranges) : ranges :=
  match l with
  | [] => result ++ [back]
  | next :: l => let '(result, back) := push_merge result back next in union_tail result back l
  end.

Fixpoint union_loop (left : ranges) : ranges -> ranges -> range -> ranges :=
  fix go (right : ranges) (result : ranges) (back : range) :=
    match left, right with
    | l :: left', r :: right' =>
        if l.1 <? r.1 then
          let '(result, back) := push_merge result back l in union_loop left' right result back
        else
          let '(result, back) := push_merge result back r in go right' result back
    | _, [] => union_tail result back left
    | [], _ => union_tail result back right
    end.

Definition create_union (left right : ranges) : ranges :=
  match left, right with
  | [], _ => right
  | _, [] => left
  | l :: left', r :: right' =>
      if l.1 <? r.1 then union_loop left' right [] l
      else union_loop left right' [] r
  end.

(** ** Abstraction: a set of indices *)

Fixpoint mem (x : Z) (l : ranges) : Prop :=
  match l with
  | [] => False
  | r :: l => r.1 <= x < r.2 \/ mem x l
  end.

(** Non-empty, increasing, separated; every range starts after [lo]. *)
Fixpoint canon_from (lo : Z) (l : ranges) : Prop :=
  match l with
  | [] => True
  | r :: l => lo < r.1 /\ r.1 < r.2 /\ canon_from r.2 l
  end.

Definition canon (l : ranges) : Prop := canon_from (-1) l.

(** ** Lemmas *)

(** Case analysis on the search over [l] in the goal. *)
Tactic Notation "case_find" open_constr(l) "as" simple_intropattern(pat) "eqn" ":" ident(E) :=
  match goal with
  | |- context [find_split ?p l] => destruct (find_split p l) as pat eqn:E
  end.

(** Membership goals: the listed cases are arithmetic or the tail. *)
Ltac mem_solve :=
  simpl; split;
  repeat match goal with |- _ \/ _ -> _ => intros [?|?] end; intros;
  repeat match goal with H : _ \/ _ |- _ => destruct H as [H|H] end;
  try tauto;
  match goal with
  | |- ?A \/ ?B => first [ left; (lia || (left; lia) || (right; lia)) | right; (lia || (left; lia) || (right; lia)) | lia ]
  | _ => lia
  end.

Lemma canon_weaken lo lo' l : lo' <= lo -> canon_from lo l -> canon_from lo' l.
Proof. destruct l as [|r l]; simpl; intuition lia. Qed.

Lemma mem_lower lo l x : canon_from lo l -> mem x l -> lo < x.
Proof.
  revert lo. induction l as [|r l IH]; simpl; [done|]. intros lo (? & ? & Hc) [?|Hm]; [lia|].
  specialize (IH _ Hc Hm). lia.
Qed.

Lemma insert_skip r v l : r.1 < r.2 -> v.2 < r.1 -> insert r (v :: l) = v :: insert r l.
Proof.
  intros Hr Hv. unfold insert. rewrite (proj2 (Z.leb_gt r.2 r.1)) by lia.
  cbn [find_split]. rewrite (proj2 (Z.leb_gt r.1 v.2)) by lia.
  case_find l as [pre [|first rest]] eqn:E1; [done|].
  destruct (r.2 <? first.1); [done|].
  rewrite Z.ltb_irrefl. case_find rest as [? [|lst tail]] eqn:E2; [done|].
  by destruct (lst.1 <=? _).
Qed.

(** What [insert] makes of the range it extends and the ranges after it. *)
Definition absorb (first : range) (rest : ranges) : ranges :=
  match snd (find_split (fun v : range => first.2 <? v.2) rest) with
  | lst :: tail =>
      if lst.1 <=? first.2 then (first.1, lst.2) :: tail else first :: lst :: tail
  | [] => [first]
  end.

Lemma absorb_spec first rest lo c :
  lo < first.1 -> first.1 <= c <= first.2 -> first.1 < first.2 -> canon_from c rest ->
  canon_from lo (absorb first rest) /\
  forall x, mem x (absorb first rest) <-> first.1 <= x < first.2 \/ mem x rest.
Proof.
  revert c. induction rest as [|v rest IH]; simpl; intros c Hlo Hc Hf Hr.
  - split; [simpl; lia|]. intros x. simpl. lia.
  - destruct Hr as (H1 & H2 & H3). unfold absorb. cbn [find_split].
    destruct (first.2 <? v.2) eqn:E; bool_prop.
    + simpl. destruct (v.1 <=? first.2) eqn:E2; bool_prop; simpl; split.
      * repeat split; (done || lia).
      * intros x. destruct (Z.lt_ge_cases x first.2); mem_solve.
      * repeat split; (done || lia).
      * intros x. mem_solve.
    + case_find rest as [pre post] eqn:Ef. simpl.
      destruct (IH v.2) as [IH1 IH2]; [lia..|done|].
      unfold absorb in IH1, IH2. rewrite Ef in IH1, IH2. simpl in IH1, IH2.
      split; [done|]. intros x. rewrite IH2. split; [tauto|]. intros [?|[?|?]]; [tauto|left; lia|tauto].
Qed.

Lemma insert_here r v l : r.1 < r.2 -> r.1 <= v.2 ->
  insert r (v :: l) =
  if r.2 <? v.1 then r :: v :: l
  else absorb (Z.min r.1 v.1, Z.max r.2 v.2) l.
Proof.
  intros Hr Hv. unfold insert, absorb. rewrite (proj2 (Z.leb_gt r.2 r.1)) by lia.
  cbn [find_split]. rewrite (proj2 (Z.leb_le r.1 v.2)) by lia.
  destruct (r.2 <? v.1); [done|]. cbn [find_split fst snd]. rewrite Z.ltb_irrefl.
  case_find l as [pre [|lst tail]] eqn:E1; [done|]. simpl.
  by destruct (lst.1 <=? _).
Qed.

Lemma insert_spec r l lo : r.1 < r.2 -> lo < r.1 -> canon_from lo l ->
  canon_from lo (insert r l) /\
  forall x, mem x (insert r l) <-> mem x l \/ r.1 <= x < r.2.
Proof.
  intros Hr. revert lo. induction l as [|v l IH]; intros lo Hlo Hc.
  - unfold insert. rewrite (proj2 (Z.leb_gt r.2 r.1)) by lia. simpl. split; [lia|tauto].
  - destruct Hc as (H1 & H2 & H3). destruct (Z.lt_ge_cases v.2 r.1) as [Hv|Hv].
    + rewrite insert_skip by done. destruct (IH v.2 Hv H3) as [IH1 IH2].
      split; [done|]. intros x. simpl. rewrite IH2. tauto.
    + rewrite insert_here by done. destruct (r.2 <? v.1) eqn:E; bool_prop.
      * split; [simpl; repeat split; (done || lia)|]. intros x. simpl. tauto.
      * destruct (absorb_spec (Z.min r.1 v.1, Z.max r.2 v.2) l lo v.2) as [A1 A2];
          simpl; [lia..|done|].
        split; [done|]. intros x. rewrite A2. simpl. 
        split; [intros [?|?]; [|tauto]|intros [[?|?]|?]; [|tauto|]]; lia.
Qed.

Lemma erase_skip r v l : r.1 < r.2 -> v.2 <= r.1 -> erase r (v :: l) = v :: erase r l.
Proof.
  intros Hr Hv. unfold erase. rewrite (proj2 (Z.leb_gt r.2 r.1)) by lia.
  cbn [find_split]. rewrite (proj2 (Z.ltb_ge r.1 v.2)) by lia.
  case_find l as [pre post] eqn:E1. case_find post as [mid last] eqn:E2.
  destruct post as [|first rest]; [done|].
  destruct mid as [|? ?]; [|done].
  destruct (first.1 <? r.1); [done|]. by destruct (first.1 <? r.2).
Qed.

(** What [erase] leaves of the ranges after the first one it touches. *)
Definition trim (r : range) (l : ranges) : ranges :=
  match snd (find_split (fun v : range => r.2 <? v.2) l) with
  | lst :: tail => if lst.1 <? r.2 then (r.2, lst.2) :: tail else lst :: tail
  | [] => []
  end.

Lemma trim_spec r l c : r.1 < r.2 -> r.1 <= c -> canon_from c l ->
  canon_from c (trim r l) /\ forall x, mem x (trim r l) <-> mem x l /\ r.2 <= x.
Proof.
  intros Hr. revert c. induction l as [|v l IH]; intros c Hc Hl; [simpl; tauto|].
  destruct Hl as (H1 & H2 & H3). unfold trim. cbn [find_split].
  destruct (r.2 <? v.2) eqn:E; bool_prop; simpl.
  - assert (Hm : forall x, mem x l -> r.2 <= x)
      by (intros x Hx; pose proof (mem_lower _ _ _ H3 Hx); lia).
    destruct (v.1 <? r.2) eqn:E2; bool_prop; simpl; (split; [repeat split; (done || lia)|]);
      intros x; specialize (Hm x); intuition lia.
  - case_find l as [pre post] eqn:Ef. simpl. destruct (IH v.2) as [IH1 IH2]; [lia|done|].
    unfold trim in IH1, IH2. rewrite Ef in IH1, IH2. simpl in IH1, IH2.
    split; [by apply (canon_weaken v.2); [lia|]|]. intros x. rewrite IH2. intuition lia.
Qed.

Lemma erase_here r v l : r.1 < r.2 -> r.1 < v.2 ->
  erase r (v :: l) =
  if r.2 <? v.2 then
    if v.1 <? r.1 then (v.1, r.1) :: (r.2, v.2) :: l
    else if v.1 <? r.2 then (r.2, v.2) :: l else v :: l
  else (if v.1 <? r.1 then [(v.1, r.1)] else []) ++ trim r l.
Proof.
  intros Hr Hv. unfold erase, trim. rewrite (proj2 (Z.leb_gt r.2 r.1)) by lia.
  cbn [find_split]. rewrite (proj2 (Z.ltb_lt r.1 v.2)) by lia. cbn [find_split].
  destruct (r.2 <? v.2); [done|]. case_find l as [mid last] eqn:E. simpl.
  by destruct last.
Qed.

Lemma erase_spec r l lo : r.1 < r.2 -> canon_from lo l ->
  canon_from lo (erase r l) /\
  forall x, mem x (erase r l) <-> mem x l /\ ~ (r.1 <= x < r.2).
Proof.
  intros Hr. revert lo. induction l as [|v l IH]; intros lo Hc.
  - unfold erase. rewrite (proj2 (Z.leb_gt r.2 r.1)) by lia. simpl. tauto.
  - destruct Hc as (H1 & H2 & H3).
    assert (Hm : forall x, mem x l -> v.2 < x) by (intros x; apply mem_lower; done).
    destruct (Z.lt_ge_cases r.1 v.2) as [Hv|Hv].
    + rewrite erase_here by done. destruct (r.2 <? v.2) eqn:E; bool_prop.
      * destruct (v.1 <? r.1) eqn:E1; bool_prop;
          [|destruct (v.1 <? r.2) eqn:E2; bool_prop];
          simpl; (split; [repeat split; (done || lia)|]);
          intros x; specialize (Hm x); intuition lia.
      * destruct (trim_spec r l v.2) as [T1 T2]; [done|lia|done|].
        destruct (v.1 <? r.1) eqn:E1; bool_prop; simpl.
        -- split; [repeat split; try lia; by apply (canon_weaken v.2); [lia|]|].
           intros x. rewrite T2. specialize (Hm x). intuition lia.
        -- split; [by apply (canon_weaken v.2); [lia|]|].
           intros x. rewrite T2. specialize (Hm x). intuition lia.
    + rewrite erase_skip by done. destruct (IH v.2 H3) as [IH1 IH2].
      simpl. split; [done|]. intros x. rewrite IH2. intuition lia.
Qed.

(** [find] drops exactly the ranges that end at or before [index]. *)
Lemma find_spec index l lo : canon_from lo l ->
  canon_from lo (find index l) /\
  (forall x, mem x (find index l) -> mem x l) /\
  (forall x, index <= x -> mem x l -> mem x (find index l)) /\
  match find index l with [] => True | f :: _ => index < f.2 end.
Proof.
  unfold find. revert lo. induction l as [|v l IH]; intros lo Hc; [simpl; tauto|].
  destruct Hc as (H1 & H2 & H3). cbn [find_split]. destruct (index <? v.2) eqn:E; bool_prop.
  - simpl. tauto.
  - case_find l as [pre post] eqn:Ef. destruct (IH v.2 H3) as (I1 & I2 & I3 & I4).
    simpl in *. repeat split.
    + by apply (canon_weaken v.2); [lia|].
    + intros x Hx. right. by apply I2.
    + intros x Hx [?|?]; [lia|by apply I3].
    + done.
Qed.

Lemma has_spec index l lo : canon_from lo l -> has index l = true <-> mem index l.
Proof.
  intros Hc. destruct (find_spec index l lo Hc) as (F1 & F2 & F3 & F4).
  unfold has. split.
  - intros H. apply F2. destruct (find index l) as [|f k]; [done|]. bool_prop. left. lia.
  - intros H. apply F3 in H; [|lia]. destruct (find index l) as [|f k]; [done|].
    destruct F1 as (? & ? & F1). apply Z.leb_le. destruct H as [?|H]; [lia|].
    pose proof (mem_lower _ _ _ F1 H). lia.
Qed.

(** ** Measuring an intersection *)

Definition memb (x : Z) (l : ranges) : bool :=
  existsb (fun v : range => (v.1 <=? x) && (x <? v.2)) l.

Lemma memb_mem x l : memb x l = true <-> mem x l.
Proof.
  induction l as [|v l IH]; simpl; [done|].
  rewrite orb_true_iff, andb_true_iff, Z.leb_le, Z.ltb_lt, IH. tauto.
Qed.

Definition overlap (r : range) (l : ranges) : Z :=
  foldr (fun (v : range) acc => Z.max 0 (Z.min r.2 v.2 - Z.max r.1 v.1) + acc) 0 l.

Lemma overlap_count first n l lo : canon_from lo l ->
  overlap (first, first + Z.of_nat n) l =
  Z.of_nat (count (fun x => memb x l) (zrange first n)).
Proof.
  revert lo. induction l as [|v l IH]; intros lo Hc; simpl.
  - induction (zrange first n) as [|x k IHk]; [done|]. rewrite count_cons. simpl in *. lia.
  - destruct Hc as (H1 & H2 & H3). rewrite (IH _ H3), count_orb.
    + rewrite Nat2Z.inj_add, count_interval. simpl. lia.
    + apply Forall_forall. intros x _. apply andb_false_iff.
      destruct (memb x l) eqn:E; [|by right]. left. apply memb_mem in E.
      pose proof (mem_lower _ _ _ H3 E). apply andb_false_iff. right. apply Z.ltb_ge. lia.
Qed.

Lemma overlap_bound r l c : canon_from c l -> 0 <= overlap r l <= Z.max 0 (r.2 - c).
Proof.
  revert c. induction l as [|v l IH]; intros c Hc; simpl; [lia|].
  destruct Hc as (H1 & H2 & H3). specialize (IH _ H3). lia.
Qed.

Lemma overlap_after r l c : canon_from c l -> r.2 <= c -> overlap r l = 0.
Proof. intros Hc Hr. pose proof (overlap_bound r l c Hc). lia. Qed.

Lemma intersect_loop_spec first last dist l c :
  canon_from c l -> first <= c -> 0 <= first -> last < 2 ^ 32 -> 0 <= dist < 2 ^ 32 ->
  intersect_loop last dist l = dist + overlap (first, last) l.
Proof.
  intros Hc Hf H0 Hl Hd. enough (Hg : forall dist, 0 <= dist ->
    dist + Z.max 0 (last - c) < 2 ^ 64 ->
    intersect_loop last dist l = dist + overlap (first, last) l) by (apply Hg; lia).
  clear dist Hd. revert c Hc Hf. induction l as [|v l IH]; intros c Hc Hf dist Hd Hb; simpl; [lia|].
  destruct Hc as (H1 & H2 & H3). destruct (v.1 <? last) eqn:E; bool_prop.
  - width. rewrite (IH v.2) by (done || lia). lia.
  - rewrite (overlap_after (first, last) l v.2 H3) by (simpl; lia). lia.
Qed.

Lemma overlap_find first last l lo : canon_from lo l ->
  overlap (first, last) (find first l) = overlap (first, last) l.
Proof.
  unfold find. revert lo. induction l as [|v l IH]; intros lo Hc; [done|].
  destruct Hc as (H1 & H2 & H3). cbn [find_split].
  destruct (first <? v.2) eqn:E; bool_prop; [done|].
  case_find l as [pre post] eqn:Ef. specialize (IH _ H3). simpl in *. rewrite IH. lia.
Qed.

(** ** The merge *)

(** The vector under construction, split as all but the last range. *)
Lemma canon_snoc lo result back : canon_from lo (result ++ [back]) <->
  canon_from lo result /\ back.1 < back.2 /\ lo < back.1 /\
  Forall (fun v : range => v.2 < back.1) result.
Proof.
  revert lo. induction result as [|v result IH]; intros lo; simpl.
  - intuition auto.
  - rewrite Forall_cons, IH. split.
    + intros (? & ? & ? & ? & ? & ?). repeat split; (done || lia).
    + intros ((? & ? & ?) & ? & ? & ? & ?). repeat split; (done || lia).
Qed.

Lemma mem_app x l k : mem x (l ++ k) <-> mem x l \/ mem x k.
Proof. induction l as [|v l IH]; simpl; [tauto|]. rewrite IH. tauto. Qed.

(** [push_merge] adds a range that starts no earlier than the last one. *)
Lemma push_merge_spec lo result back next result' back' :
  canon_from lo (result ++ [back]) -> back.1 <= next.1 -> next.1 < next.2 ->
  push_merge result back next = (result', back') ->
  canon_from lo (result' ++ [back']) /\ back'.1 <= next.1 /\
  forall x, mem x (result' ++ [back']) <-> mem x (result ++ [back]) \/ next.1 <= x < next.2.
Proof.
  intros Hc Hn Hn2. unfold push_merge. destruct (next.1 <=? back.2) eqn:E; intros [= <- <-]; bool_prop.
  - apply canon_snoc in Hc as (? & ? & ? & Hf). split; [|split].
    + apply canon_snoc. simpl. repeat split; (done || lia).
    + done.
    + intros x. rewrite !mem_app. simpl. split; [|intuition lia].
      intros [?|[?|[]]]; [tauto|]. destruct (Z.lt_ge_cases x next.1); [left; right; left; lia|].
      destruct (Z.lt_ge_cases x next.2); [right; lia|left; right; left; lia].
  - pose proof Hc as Hc'. apply canon_snoc in Hc as (? & ? & ? & Hf). split; [|split; [lia|]].
    + apply canon_snoc. repeat split; try (done || lia). apply Forall_app. split.
      * eapply Forall_impl; [exact Hf|]. simpl. intros; lia.
      * apply Forall_cons. split; [done|constructor].
    + intros x. rewrite !(mem_app x _ [next]). simpl. tauto.
Qed.

Lemma union_tail_spec lo result back l c : canon_from lo (result ++ [back]) ->
  back.1 <= c + 1 -> canon_from c l ->
  canon_from lo (union_tail result back l) /\
  forall x, mem x (union_tail result back l) <-> mem x (result ++ [back]) \/ mem x l.
Proof.
  revert result back c. induction l as [|next l IH]; intros result back c Hc Hb Hl; simpl; [tauto|].
  destruct Hl as (H1 & H2 & H3). destruct (push_merge result back next) as [result' back'] eqn:E.
  destruct (push_merge_spec lo result back next result' back' Hc ltac:(lia) H2 E) as (P1 & P2 & P3).
  destruct (IH result' back' next.2 P1 ltac:(lia) H3) as [I1 I2].
  split; [done|]. intros x. rewrite I2, P3. tauto.
Qed.

Lemma union_loop_spec left right lo result back cl cr :
  canon_from lo (result ++ [back]) ->
  canon_from cl left -> canon_from cr right -> back.1 <= cl + 1 -> back.1 <= cr + 1 ->
  canon_from lo (union_loop left right result back) /\
  forall x, mem x (union_loop left right result back) <->
            mem x (result ++ [back]) \/ mem x left \/ mem x right.
Proof.
  revert right result back cl cr.
  induction left as [|l left IHl]; intros right.
  - intros result back cl cr Hc _ Hr _ Hb. destruct right as [|r right].
    + simpl. split; [done|]. intros x. simpl. tauto.
    + destruct (union_tail_spec lo result back (r :: right) cr) as [U1 U2]; [done|lia|done|].
      split; [exact U1|]. intros x. specialize (U2 x). simpl in *. tauto.
  - induction right as [|r right IHr]; intros result back cl cr Hc Hl Hr Hbl Hbr.
    + destruct (union_tail_spec lo result back (l :: left) cl) as [U1 U2]; [done|lia|done|].
      split; [exact U1|]. intros x. specialize (U2 x). simpl in *. tauto.
    + destruct Hl as (L1 & L2 & L3), Hr as (R1 & R2 & R3). cbn [union_loop].
      destruct (l.1 <? r.1) eqn:E; bool_prop.
      * destruct (push_merge result back l) as [result' back'] eqn:Ep.
        destruct (push_merge_spec lo result back l result' back' Hc ltac:(lia) L2 Ep) as (P1 & P2 & P3).
        destruct (IHl (r :: right) result' back' l.2 (r.1 - 1) P1) as [I1 I2];
          [done|simpl; repeat split; (done || lia)|lia|lia|].
        split; [done|]. intros x. rewrite I2, P3. simpl. tauto.
      * destruct (push_merge result back r) as [result' back'] eqn:Ep.
        destruct (push_merge_spec lo result back r result' back' Hc ltac:(lia) R2 Ep) as (P1 & P2 & P3).
        destruct (IHr result' back' (l.1 - 1) r.2 P1) as [I1 I2];
          [simpl; repeat split; (done || lia)|done|lia|lia|].
        split; [done|]. intros x. rewrite I2, P3. simpl. tauto.
Qed.

(** ** Properties *)

(** [insert] adds exactly the indices of the new range and keeps the vector
    canonical, whatever it overlaps or touches; an empty range changes nothing. *)
Theorem insert_set (r : range) (l : ranges) : canon l -> 0 <= r.1 ->
  canon (insert r l) /\
  forall x, mem x (insert r l) <-> mem x l \/ r.1 <= x < r.2.
Proof.
  intros Hc H0. destruct (Z.lt_ge_cases r.1 r.2).
  - apply insert_spec; (done || lia).
  - unfold insert. rewrite (proj2 (Z.leb_le r.2 r.1)) by lia. split; [done|]. intros x.
    split; [tauto|intros [?|?]; [done|lia]].
Qed.

Lemma insert_set_witness :
  insert (4, 9) [(1, 3); (5, 6); (9, 12)] = [(1, 3); (4, 12)] /\
  canon (insert (4, 9) [(1, 3); (5, 6); (9, 12)]).
Proof.
  split; [reflexivity|].
  apply (insert_set (4, 9) [(1, 3); (5, 6); (9, 12)]); unfold canon; simpl; lia.
Defined.

(** [erase] removes exactly the indices of the range, splitting, trimming or
    deleting the ranges it meets, and keeps the vector canonical. *)
Theorem erase_set (r : range) (l : ranges) : canon l ->
  canon (erase r l) /\
  forall x, mem x (erase r l) <-> mem x l /\ ~ (r.1 <= x < r.2).
Proof.
  intros Hc. destruct (Z.lt_ge_cases r.1 r.2).
  - by apply erase_spec.
  - unfold erase. rewrite (proj2 (Z.leb_le r.2 r.1)) by lia. split; [done|].
    intros x. split; [|tauto]. intros. split; [done|lia].
Qed.

Lemma erase_set_witness :
  erase (2, 10) [(1, 3); (5, 6); (9, 12)] = [(1, 2); (10, 12)] /\
  canon (erase (2, 10) [(1, 3); (5, 6); (9, 12)]).
Proof.
  split; [reflexivity|].
  apply (erase_set (2, 10) [(1, 3); (5, 6); (9, 12)]). unfold canon; simpl; lia.
Defined.

(** On a canonical vector [intersect_distance] is the number of indices of
    [first, last) for which [has] answers yes, and its 32-bit differences and
    64-bit sum never wrap. *)
Theorem intersect_distance_counts (first last : Z) (l : ranges) : canon l ->
  0 <= first <= last -> last < 2 ^ 32 ->
  intersect_distance (first, last) l =
  Z.of_nat (count (fun x => has x l) (zrange first (Z.to_nat (last - first)))).
Proof.
  intros Hc Hf Hl.
  transitivity (overlap (first, last) l).
  - rewrite <- (overlap_find first last l (-1) Hc). unfold intersect_distance. simpl.
    destruct (find_spec first l (-1) Hc) as (F1 & _ & _ & F4).
    destruct (find first l) as [|f k]; [done|]. destruct F1 as (? & ? & F1). simpl.
    destruct (last <=? f.1) eqn:E; bool_prop.
    + rewrite (overlap_after (first, last) k f.2 F1) by (simpl; lia). lia.
    + width. rewrite (intersect_loop_spec first last _ k f.2) by (done || lia). lia.
  - replace last with (first + Z.of_nat (Z.to_nat (last - first))) at 1 by lia.
    rewrite (overlap_count first _ l (-1) Hc). f_equal. apply count_ext, Forall_forall.
    intros x _. pose proof (has_spec x l (-1) Hc) as Hh. pose proof (memb_mem x l) as Hb.
    apply eq_true_iff_eq. tauto.
Qed.

Lemma intersect_distance_counts_witness :
  intersect_distance (2, 10) [(1, 3); (5, 6); (9, 12)] = 3.
Proof.
  rewrite (intersect_distance_counts 2 10 [(1, 3); (5, 6); (9, 12)]);
    [reflexivity|unfold canon; simpl; lia|lia|lia].
Defined.

(** [create_union] of two canonical vectors is canonical and holds the union
    of their indices. *)
Theorem create_union_set (left right : ranges) : canon left -> canon right ->
  canon (create_union left right) /\
  forall x, mem x (create_union left right) <-> mem x left \/ mem x right.
Proof.
  intros Hl Hr. unfold create_union. destruct left as [|l left]; [simpl; tauto|].
  destruct right as [|r right]; [simpl; tauto|].
  destruct Hl as (L1 & L2 & L3), Hr as (R1 & R2 & R3). destruct (l.1 <? r.1) eqn:E; bool_prop.
  - destruct (union_loop_spec left (r :: right) (-1) [] l l.2 (r.1 - 1)) as [U1 U2];
      [simpl; lia|done|simpl; repeat split; (done || lia)|lia|lia|].
    split; [done|]. intros x. rewrite U2. simpl. tauto.
  - destruct (union_loop_spec (l :: left) right (-1) [] r (l.1 - 1) r.2) as [U1 U2];
      [simpl; lia|simpl; repeat split; (done || lia)|done|lia|lia|].
    split; [done|]. intros x. rewrite U2. simpl. tauto.
Qed.

Lemma create_union_set_witness :
  create_union [(1, 3); (8, 9)] [(2, 5); (9, 12)] = [(1, 5); (8, 12)] /\
  canon (create_union [(1, 3); (8, 9)] [(2, 5); (9, 12)]).
Proof.
  split; [reflexivity|].
  apply (create_union_set [(1, 3); (8, 9)] [(2, 5); (9, 12)]); unfold canon; simpl; lia.
Defined.

End Ranges.
