(* ===== verification/PartialQueue.v ===== *)
(** * The rarity queue (src/utils/partial_queue.h)

    Eight layers of chunk indices, bucketed by rarity with exponentially
    growing width.  Every array access is modelled: the data array starts
    uninitialised, so [pop] reading a slot that was never written would show
    as undefined behaviour.  The theorems relate the arrays and cursors to the
    list of values accepted per layer and show when [insert] accepts, what
    [pop] returns, and that neither exception of the class is reachable. *)

From S2P Require Import Prelude.

Module PartialQueue.

Definition num_layers : Z := 8.

(** [None] in the data array is an uninitialised element. *)
Record PartialQueue := mkPartialQueue {
  m_data : option (list (option Z));
  m_max_layer_size : Z;
  m_index : Z;
  m_ceiling : Z;
  m_layers : list (Z * Z)
}.

Definition empty_queue : PartialQueue :=
  mkPartialQueue None 0 0 0 (replicate 8 (0, 0)).

(** ** Operations *)

Definition ceiling (layer : Z) : Z := u16 (Z.shiftl 2 layer - 1).

Definition is_full (q : PartialQueue) : bool := m_ceiling q =? 0.
Definition is_enabled (q : PartialQueue) : bool :=
  match m_data q with None => false | Some _ => true end.
Definition is_layer_full (q : PartialQueue) (l : Z) : res bool :=
  layer ← of_deref (zlookup (m_layers q) l);
  Ok (m_max_layer_size q <=? snd layer).
Definition max_size (q : PartialQueue) : Z := u16 (m_max_layer_size q * num_layers).

Definition enable (q : PartialQueue) (ls : Z) : res PartialQueue :=
  _ ← throw_when (ls =? 0) logic_error;
  Ok (mkPartialQueue (Some (replicate (Z.to_nat (ls * num_layers)) None)) ls
        (m_index q) (m_ceiling q) (m_layers q)).

Definition disable (q : PartialQueue) : PartialQueue :=
  mkPartialQueue None 0 (m_index q) (m_ceiling q) (m_layers q).

Definition clear (q : PartialQueue) : PartialQueue :=
  match m_data q with
  | None => q
  | Some _ =>
      mkPartialQueue (m_data q) (m_max_layer_size q) 0 (ceiling (num_layers - 1))
        (replicate 8 (0, 0))
  end.

(** [while (key >= ceiling(idx)) ++idx]: a [uint8_t] key is below [ceiling(8)]. *)
Fixpoint find_layer (fuel : nat) (key idx : Z) : Z :=
  match fuel with
  | O => idx
  | S fuel => if ceiling idx <=? key then find_layer fuel key (u16 (idx + 1)) else idx
  end.

Definition insert (q : PartialQueue) (key value : Z) : res (bool * PartialQueue) :=
  if m_ceiling q <=? key then Ok (false, q)
  else
    let idx := find_layer 9 key 0 in
    let index := Z.min (m_index q) idx in
    full ← is_layer_full q idx;
    _ ← throw_when full logic_error;
    layer ← of_deref (zlookup (m_layers q) idx);
    d ← of_deref (m_data q);
    let pos := m_max_layer_size q * idx + snd layer in
    _ ← of_deref (zlookup d pos);
    let d := zinsert pos (Some value) d in
    let layers := zinsert idx (fst layer, u16 (snd layer + 1)) (m_layers q) in
    let q := mkPartialQueue (Some d) (m_max_layer_size q) index (m_ceiling q) layers in
    full ← is_layer_full q idx;
    let c := if full : bool then (if 0 <? idx then ceiling (idx - 1) else 0) else m_ceiling q in
    Ok (true, mkPartialQueue (m_data q) (m_max_layer_size q) (m_index q) c (m_layers q)).

(** The loop moves [m_index] at most to the last layer. *)
Fixpoint prepare_pop_loop (fuel : nat) (q : PartialQueue) : res (bool * PartialQueue) :=
  match fuel with
  | O => Ok (false, q)
  | S fuel =>
      layer ← of_deref (zlookup (m_layers q) (m_index q));
      if fst layer =? snd layer then
        full ← is_layer_full q (m_index q);
        if full || (m_index q + 1 =? num_layers) then Ok (false, q)
        else
          prepare_pop_loop fuel
            (mkPartialQueue (m_data q) (m_max_layer_size q) (u16 (m_index q + 1))
               (m_ceiling q) (m_layers q))
      else Ok (true, q)
  end.

Definition prepare_pop (q : PartialQueue) : res (bool * PartialQueue) :=
  prepare_pop_loop 9 q.

Definition pop (q : PartialQueue) : res (Z * PartialQueue) :=
  _ ← throw_when (num_layers <=? m_index q) logic_error;
  layer ← of_deref (zlookup (m_layers q) (m_index q));
  _ ← throw_when (snd layer <=? fst layer) logic_error;
  d ← of_deref (m_data q);
  slot ← of_deref (zlookup d (m_index q * m_max_layer_size q + fst layer));
  v ← of_deref slot;
  Ok (v, mkPartialQueue (m_data q) (m_max_layer_size q) (m_index q) (m_ceiling q)
           (zinsert (m_index q) (u16 (fst layer + 1), snd layer) (m_layers q))).

(** ** Abstraction: the values accepted since the last [clear] *)

(** The layer of a key, in closed form. *)
Definition layer_of (key : Z) : Z := Z.log2 (key + 1).

(** [H !! j] lists what layer [j] accepted, [P !! j] how many of them were popped. *)
Record rep (q : PartialQueue) (max : Z) (H : list (list Z)) (P : list Z) : Prop := {
  rep_max : m_max_layer_size q = max;
  rep_max_range : 0 < max /\ 8 * max < 2 ^ 16;
  rep_H : length H = 8%nat;
  rep_layers : m_layers q = zip P (zlen <$> H);
  rep_P : length P = 8%nat;
  rep_bounds : forall (j : nat) h p, H !! j = Some h -> P !! j = Some p ->
     0 <= p <= zlen h /\ zlen h <= max;
  rep_data : exists d, m_data q = Some d /\ zlen d = 8 * max /\
     forall (j i : nat) h v, H !! j = Some h -> h !! i = Some v ->
       d !! (Z.to_nat max * j + i)%nat = Some (Some v);
  rep_index : 0 <= m_index q < 8;
  rep_drained : forall (j : nat) h p, Z.of_nat j < m_index q -> H !! j = Some h -> P !! j = Some p ->
     p = zlen h /\ zlen h < max;
  rep_ceiling : exists k : nat, (k <= 8)%nat /\ m_ceiling q = 2 ^ Z.of_nat k - 1 /\
     (forall (j : nat) h, (j < k)%nat -> H !! j = Some h -> zlen h < max) /\
     ((k < 8)%nat -> exists h, H !! k = Some h /\ zlen h = max)
}.

(** ** Lemmas *)

Lemma ceiling_pow l : 0 <= l < 15 -> ceiling l = 2 ^ (l + 1) - 1.
Proof.
  intros Hl. unfold ceiling. rewrite Z.shiftl_mul_pow2 by lia.
  replace (2 * 2 ^ l) with (2 ^ (l + 1)) by (rewrite Z.pow_add_r by lia; lia).
  apply u16_small. pose proof (Z.pow_pos_nonneg 2 (l + 1)).
  pose proof (Z.pow_lt_mono_r 2 (l + 1) 16). lia.
Qed.

Lemma layer_of_lt key k : 0 <= key -> 0 <= k -> key < 2 ^ k - 1 <-> layer_of key < k.
Proof.
  intros H0 Hk. unfold layer_of. rewrite <- Z.log2_lt_pow2 by lia. lia.
Qed.

Lemma find_layer_spec fuel key idx : 0 <= key < 2 ^ 8 -> 0 <= idx ->
  idx <= layer_of key <= idx + Z.of_nat fuel -> find_layer fuel key idx = layer_of key.
Proof.
  intros Hk. assert (Hl : 0 <= layer_of key < 9).
  { split; [apply Z.log2_nonneg|]. apply layer_of_lt; lia. }
  revert idx. induction fuel as [|fuel IH]; intros idx H0 Hi; simpl; [lia|].
  rewrite ceiling_pow by lia. pose proof (layer_of_lt key (idx + 1)).
  destruct (2 ^ (idx + 1) - 1 <=? key) eqn:E; bool_prop; [|lia].
  width. apply IH; lia.
Qed.

Lemma find_layer_of key : 0 <= key < 2 ^ 8 -> find_layer 9 key 0 = layer_of key.
Proof.
  intros Hk. apply find_layer_spec; [done|lia|]. split; [apply Z.log2_nonneg|].
  assert (layer_of key < 9) by (apply layer_of_lt; lia). lia.
Qed.

Lemma slot_inj max j i j' i' : (i < max)%nat -> (i' < max)%nat ->
  (max * j + i = max * j' + i')%nat -> j = j' /\ i = i'.
Proof.
  intros Hi Hi' E. assert (j = j') as ->; [|lia].
  destruct (Nat.lt_trichotomy j j') as [?|[?|?]]; [nia|done|nia].
Qed.

Section Rep.
Context (q : PartialQueue) (max : Z) (H : list (list Z)) (P : list Z).
Hypothesis Hrep : rep q max H P.

Lemma rep_layer (j : nat) : (j < 8)%nat ->
  exists h p, H !! j = Some h /\ P !! j = Some p /\ m_layers q !! j = Some (p, zlen h).
Proof.
  intros Hj. destruct Hrep as [_ _ EH EL EP _ _ _ _ _].
  destruct (lookup_lt_is_Some_2 H j ltac:(lia)) as [h Hh].
  destruct (lookup_lt_is_Some_2 P j ltac:(lia)) as [p Hp].
  exists h, p. repeat split; try done. rewrite EL. apply lookup_zip_with_Some.
  exists p, (zlen h). rewrite list_lookup_fmap, Hh. done.
Qed.

Lemma rep_slot (j i : nat) h : H !! j = Some h -> Z.of_nat i < max ->
  forall d, m_data q = Some d -> is_Some (d !! (Z.to_nat max * j + i)%nat).
Proof.
  intros Hh Hi d Hd. destruct Hrep as [_ Hm EH _ _ _ (d' & Hd' & Hl & _) _ _ _].
  apply lookup_lt_Some in Hh. apply lookup_lt_is_Some. simplify_eq. unfold zlen in Hl. nia.
Qed.

(** The state after layer [j] accepts a value. *)
Lemma push_rep (j : nat) h p v d index c :
  H !! j = Some h -> P !! j = Some p -> m_data q = Some d -> zlen h < max ->
  index = Z.min (m_index q) (Z.of_nat j) ->
  (exists k : nat, (k <= 8)%nat /\ c = 2 ^ Z.of_nat k - 1 /\
     (forall i h', (i < k)%nat -> <[j := h ++ [v]]> H !! i = Some h' -> zlen h' < max) /\
     ((k < 8)%nat -> exists h', <[j := h ++ [v]]> H !! k = Some h' /\ zlen h' = max)) ->
  rep (mkPartialQueue
         (Some (<[(Z.to_nat max * j + length h)%nat := Some v]> d)) max index c
         (<[j := (p, zlen h + 1)]> (m_layers q)))
      max (<[j := h ++ [v]]> H) P.
Proof.
  intros Hh Hp Hd Hlt -> Hc. pose proof Hrep as [_ Hm EH EL EP Hb (d' & Hd' & Hl & Hv) Hi Hdr _].
  simplify_eq. pose proof (lookup_lt_Some _ _ _ Hh) as Hj.
  assert (Hz : zlen (h ++ [v]) = zlen h + 1) by (unfold zlen; rewrite length_app; simpl; lia).
  split; cbn [m_data m_max_layer_size m_index m_ceiling m_layers]; try done.
  - by rewrite length_insert.
  - rewrite EL, <- Hz, list_fmap_insert.
    rewrite <- (list_insert_id P j p Hp) at 2. apply insert_zip_with.
  - intros i h' p' Hh' Hp'. destruct (decide (i = j)) as [->|].
    + rewrite list_lookup_insert_eq in Hh' by done. specialize (Hb j h p Hh Hp).
      simplify_eq. lia.
    + rewrite list_lookup_insert_ne in Hh' by done. by apply (Hb i).
  - eexists. split; [done|]. split; [unfold zlen in *; by rewrite length_insert|].
    intros i k h' v' Hh' Hk. destruct (decide (i = j)) as [->|].
    + rewrite list_lookup_insert_eq in Hh' by done. simplify_eq.
      apply lookup_app_Some in Hk as [Hk|[? Hk]].
      * pose proof (Hv j k h v' Hh Hk) as Hk'. apply lookup_lt_Some in Hk.
        rewrite list_lookup_insert_ne by lia. done.
      * apply list_lookup_singleton_Some in Hk as [Hk ->].
        assert (k = length h) as -> by lia. apply list_lookup_insert_eq.
        destruct (rep_slot j (length h) h Hh Hlt d Hd) as [? Hs]. by apply lookup_lt_Some in Hs.
    + rewrite list_lookup_insert_ne in Hh' by done.
      pose proof (Hv i k h' v' Hh' Hk) as Hk'. apply lookup_lt_Some in Hk.
      destruct (lookup_lt_is_Some_2 P i) as [p' Hp'];
        [rewrite EP, <- EH; by apply lookup_lt_Some in Hh'|].
      specialize (Hb i h' p' Hh' Hp'). unfold zlen in *.
      rewrite list_lookup_insert_ne; [done|]. intros E.
      apply slot_inj in E as [? _]; [done|lia|lia].
  - lia.
  - intros i h' p' Hlti Hh' Hp'. rewrite list_lookup_insert_ne in Hh' by lia.
    apply (Hdr i); (done || lia).
Qed.
End Rep.

(** Layers are refused from the least full one on. *)
Definition accepts (max : Z) (H : list (list Z)) (key : Z) : Prop :=
  forall (i : nat) h, Z.of_nat i <= layer_of key -> H !! i = Some h -> zlen h < max.

Lemma accepts_iff q max H P key : rep q max H P -> 0 <= key < 2 ^ 8 ->
  key < m_ceiling q <-> accepts max H key /\ layer_of key < 8.
Proof.
  intros Hr Hk. pose proof Hr as [_ _ EH _ _ _ _ _ _ (k & Hk8 & -> & Hlow & Hfull)].
  rewrite layer_of_lt by lia. split.
  - intros Hl. split; [|lia]. intros i h Hi. apply Hlow. lia.
  - intros [Ha H8]. destruct (decide (k < 8)%nat) as [Hlt|]; [|lia].
    destruct (Hfull Hlt) as (h & Hh & E). destruct (Z.lt_ge_cases (layer_of key) (Z.of_nat k)); [done|].
    specialize (Ha k h ltac:(lia) Hh). lia.
Qed.

(** [insert] on the abstraction. *)
Lemma insert_rep q max H P key v : rep q max H P -> 0 <= key < 2 ^ 8 ->
  (key < m_ceiling q /\ exists q' h, insert q key v = Ok (true, q') /\
     H !! Z.to_nat (layer_of key) = Some h /\
     rep q' max (<[Z.to_nat (layer_of key) := h ++ [v]]> H) P) \/
  (m_ceiling q <= key /\ insert q key v = Ok (false, q)).
Proof.
  intros Hr Hk. unfold insert. destruct (m_ceiling q <=? key) eqn:E; bool_prop; [by right|left].
  split; [done|]. pose proof Hr as [Hm Hmr EH EL EP Hb (d & Hd & Hl & _) Hi _ (k & Hk8 & Hc & Hlow & Hfull)].
  rewrite Hc, layer_of_lt in E by lia. rewrite find_layer_of by done.
  assert (Hj0 : 0 <= layer_of key) by apply Z.log2_nonneg.
  set (j := Z.to_nat (layer_of key)). assert (Ej : layer_of key = Z.of_nat j) by lia.
  rewrite Ej in *. clear Ej. destruct (rep_layer q max H P Hr j ltac:(lia)) as (h & p & Hh & Hp & HL).
  pose proof (Hlow j h ltac:(lia) Hh) as Hlt. specialize (Hb j h p Hh Hp) as Hb'.
  unfold is_layer_full. rewrite zlookup_nat, HL. res_simpl. cbn [fst snd].
  rewrite Hm, (proj2 (Z.leb_gt max (zlen h))) by lia. res_simpl. rewrite Hd. res_simpl. cbv zeta.
  replace (max * Z.of_nat j + zlen h) with (Z.of_nat (Z.to_nat max * j + length h))
    by (unfold zlen in *; lia).
  destruct (rep_slot q max H P Hr j (length h) h Hh Hlt d Hd) as [s Hs].
  rewrite !zlookup_nat, Hs, !zinsert_nat. res_simpl. cbn [m_layers m_max_layer_size m_data m_index].
  rewrite list_lookup_insert_eq by (by apply lookup_lt_Some in HL). res_simpl.
  width. cbn [snd].
  eexists _, h. split; [reflexivity|]. split; [done|].
  apply (push_rep q max H P Hr j h p v d); try done.
  assert (Hz : zlen (h ++ [v]) = zlen h + 1) by (unfold zlen; rewrite length_app; simpl; lia).
  assert (HjH : (j < length H)%nat) by lia.
  destruct (max <=? zlen h + 1) eqn:Ef; bool_prop.
  - exists j. split; [lia|]. split.
    + destruct (0 <? Z.of_nat j) eqn:E0; bool_prop.
      * rewrite ceiling_pow by lia. do 2 f_equal. lia.
      * replace j with 0%nat by lia. done.
    + split.
      * intros i h' Hij Hh'. rewrite list_lookup_insert_ne in Hh' by lia. apply (Hlow i); (done || lia).
      * intros _. exists (h ++ [v]). rewrite list_lookup_insert_eq by done. split; [done|lia].
  - exists k. split; [done|]. split; [done|]. split.
    + intros i h' Hij Hh'. destruct (decide (i = j)) as [->|].
      * rewrite list_lookup_insert_eq in Hh' by done. simplify_eq. lia.
      * rewrite list_lookup_insert_ne in Hh' by lia. by apply (Hlow i).
    + intros Hlt8. destruct (Hfull Hlt8) as (h' & Hh' & ?). exists h'.
      rewrite list_lookup_insert_ne by lia. done.
Qed.

Lemma move_index_rep q max H P h p : rep q max H P -> m_index q < 7 ->
  H !! Z.to_nat (m_index q) = Some h -> P !! Z.to_nat (m_index q) = Some p ->
  p = zlen h -> zlen h < max ->
  rep (mkPartialQueue (m_data q) (m_max_layer_size q) (m_index q + 1) (m_ceiling q) (m_layers q))
      max H P.
Proof.
  intros Hr Hi Hh Hp E Hlt. destruct Hr as [? ? ? ? ? ? ? ? Hdr ?].
  split; cbn [m_data m_max_layer_size m_index m_ceiling m_layers]; try done; try lia.
  intros j h' p' Hj Hh' Hp'. destruct (decide (j = Z.to_nat (m_index q))) as [->|].
  - by simplify_eq.
  - apply (Hdr j); (done || lia).
Qed.

Lemma prepare_pop_loop_spec fuel q max H P : rep q max H P ->
  8 - m_index q < Z.of_nat fuel ->
  exists b q', prepare_pop_loop fuel q = Ok (b, q') /\ rep q' max H P /\
    exists h p, H !! Z.to_nat (m_index q') = Some h /\ P !! Z.to_nat (m_index q') = Some p /\
      (if b : bool then p < zlen h else p = zlen h /\ (zlen h = max \/ m_index q' = 7)).
Proof.
  revert q. induction fuel as [|fuel IH]; intros q Hr Hf; [destruct Hr; lia|].
  pose proof Hr as [Hm _ _ _ _ Hb _ Hi _ _].
  destruct (rep_layer q max H P Hr (Z.to_nat (m_index q)) ltac:(lia)) as (h & p & Hh & Hp & HL).
  specialize (Hb _ h p Hh Hp). cbn [prepare_pop_loop].
  assert (HZ : zlookup (m_layers q) (m_index q) = Some (p, zlen h)).
  { replace (m_index q) with (Z.of_nat (Z.to_nat (m_index q))) by lia. by rewrite zlookup_nat. }
  unfold is_layer_full. rewrite HZ. res_simpl. cbn [fst snd]. rewrite Hm.
  destruct (p =? zlen h) eqn:E; bool_prop.
  - destruct (max <=? zlen h) eqn:Ef; bool_prop; simpl orb.
    + exists false, q. split; [done|]. split; [done|]. exists h, p. repeat split; try done. left. lia.
    + unfold num_layers. destruct (m_index q + 1 =? 8) eqn:E8; bool_prop.
      * exists false, q. split; [done|]. split; [done|]. exists h, p. repeat split; try done. right. lia.
      * width. apply IH.
        -- rewrite <- Hm at 1. apply (move_index_rep q max H P h p); (done || lia).
        -- simpl. lia.
  - exists true, q. split; [done|]. split; [done|]. exists h, p. repeat split; try done. lia.
Qed.

Lemma pop_rep q max H P h p : rep q max H P ->
  H !! Z.to_nat (m_index q) = Some h -> P !! Z.to_nat (m_index q) = Some p -> p < zlen h ->
  exists v q', pop q = Ok (v, q') /\ h !! Z.to_nat p = Some v /\
    rep q' max H (<[Z.to_nat (m_index q) := p + 1]> P).
Proof.
  intros Hr Hh Hp Hlt. pose proof Hr as [Hm Hmr EH EL EP Hb (d & Hd & Hl & Hv) Hi Hdr Hc].
  pose proof (Hb _ h p Hh Hp) as Hbh.
  destruct (rep_layer q max H P Hr (Z.to_nat (m_index q)) ltac:(lia)) as (h' & p' & Hh' & Hp' & HL).
  simplify_eq. set (j := Z.to_nat (m_index q)) in *.
  assert (Ej : m_index q = Z.of_nat j) by lia.
  destruct (lookup_lt_is_Some_2 h (Z.to_nat p)) as [v Hhv]; [unfold zlen in *; lia|].
  pose proof (Hv j (Z.to_nat p) h v Hh Hhv) as Hslot.
  exists v. unfold pop. rewrite (proj2 (Z.leb_gt num_layers (m_index q))) by (unfold num_layers; lia).
  res_simpl. rewrite Ej, zlookup_nat, HL. res_simpl. cbn [fst snd].
  rewrite (proj2 (Z.leb_gt (zlen h) p)) by lia. res_simpl. rewrite Hd. res_simpl.
  replace (Z.of_nat j * m_max_layer_size q + p)
    with (Z.of_nat (Z.to_nat (m_max_layer_size q) * j + Z.to_nat p)) by lia.
  rewrite zlookup_nat, Hslot. res_simpl. width. rewrite zinsert_nat.
  eexists. split; [reflexivity|]. split; [done|].
  split; cbn [m_data m_max_layer_size m_index m_ceiling m_layers]; try done.
  - rewrite EL. rewrite <- (list_insert_id (zlen <$> H) j (zlen h)) at 2;
      [apply insert_zip_with|by rewrite list_lookup_fmap, Hh].
  - by rewrite length_insert.
  - intros i hi pi Hhi Hpi. destruct (decide (i = j)) as [->|].
    + rewrite list_lookup_insert_eq in Hpi by (by apply lookup_lt_Some in Hp). simplify_eq. lia.
    + rewrite list_lookup_insert_ne in Hpi by done. by apply (Hb i).
  - exists d. done.
  - lia.
  - intros i hi pi Hij Hhi Hpi. rewrite list_lookup_insert_ne in Hpi by lia.
    apply (Hdr i); (done || lia).
Qed.

Lemma clear_rep q ls : 0 < ls -> 8 * ls < 2 ^ 16 ->
  exists q', enable q ls = Ok q' /\ rep (clear q') ls (replicate 8 []) (replicate 8 0).
Proof.
  intros H0 H1. unfold enable. rewrite (proj2 (Z.eqb_neq ls 0)) by lia. res_simpl.
  eexists. split; [reflexivity|]. unfold clear. simpl m_data.
  split; cbn [m_data m_max_layer_size m_index m_ceiling m_layers]; try done; try lia.
  - intros j h p Hh Hp. apply lookup_replicate in Hh as [-> _], Hp as [-> _]. unfold zlen. simpl. lia.
  - eexists. split; [done|]. split; [unfold zlen, num_layers; rewrite length_replicate; lia|].
    intros j i h v Hh Hi. apply lookup_replicate in Hh as [-> _]. done.
  - exists 8%nat. split; [lia|]. split; [done|]. split; [|lia].
    intros j h _ Hh. apply lookup_replicate in Hh as [-> _]. done.
Qed.

(** ** Properties *)

(** After [enable] and [clear], [insert] of any 8-bit rarity neither throws
    nor leaves its arrays; it accepts exactly when the rarity's layer exists and
    no layer up to it is full, and then appends the value to that layer. *)
Theorem insert_accepts (q : PartialQueue) (max : Z) (H : list (list Z)) (P : list Z)
    (key value : Z) :
  rep q max H P -> 0 <= key < 2 ^ 8 ->
  exists b q' H', insert q key value = Ok (b, q') /\ rep q' max H' P /\
    (b = true <-> accepts max H key /\ layer_of key < 8) /\
    H' = (if b then alter (fun h => h ++ [value]) (Z.to_nat (layer_of key)) H else H).
Proof.
  intros Hr Hk. pose proof (accepts_iff q max H P key Hr Hk) as Ha.
  destruct (insert_rep q max H P key value Hr Hk) as [(Hlt & q' & h & Hi & Hh & Hr')|[Hge Hi]].
  - exists true, q', (<[Z.to_nat (layer_of key) := h ++ [value]]> H).
    split; [done|]. split; [done|]. split; [tauto|].
    apply list_eq. intros i. destruct (decide (i = Z.to_nat (layer_of key))) as [->|].
    + rewrite list_lookup_insert_eq by (by apply lookup_lt_Some in Hh).
      by rewrite list_lookup_alter_eq, Hh.
    + rewrite list_lookup_insert_ne by done. by rewrite list_lookup_alter_ne.
  - exists false, q, H. split; [done|]. split; [done|]. split; [|done].
    split; [done|]. intros Hc. apply Ha in Hc. lia.
Qed.

Definition sample : PartialQueue := clear (res_value empty_queue (enable empty_queue 2)).

Lemma sample_rep : rep sample 2 (replicate 8 []) (replicate 8 0).
Proof. destruct (clear_rep empty_queue 2) as (q' & E & Hr); [lia..|]. unfold sample. rewrite E. exact Hr. Qed.

Lemma insert_accepts_witness : exists b q' H', insert sample 5 77 = Ok (b, q') /\
  rep q' 2 H' (replicate 8 0) /\ b = true.
Proof.
  destruct (insert_accepts sample 2 (replicate 8 []) (replicate 8 0) 5 77)
    as (b & q' & H' & H1 & H2 & _ & _); [exact sample_rep|lia|].
  exists b, q', H'. split; [exact H1|]. split; [exact H2|].
  vm_compute in H1. injection H1 as <- _. reflexivity.
Defined.

(** [prepare_pop] followed by [pop] never throws and never reads an
    uninitialised slot: it returns the oldest value not yet popped of the lowest
    layer that has one; it answers no only at a full layer that has been emptied
    or at the last layer, every lower layer being empty. *)
Theorem pop_rarest_first (q : PartialQueue) (max : Z) (H : list (list Z)) (P : list Z) :
  rep q max H P ->
  exists b q' j h p, prepare_pop q = Ok (b, q') /\
    H !! j = Some h /\ P !! j = Some p /\
    (forall i hi pi, (i < j)%nat -> H !! i = Some hi -> P !! i = Some pi ->
       pi = zlen hi /\ zlen hi < max) /\
    if b : bool then
      exists v q'', pop q' = Ok (v, q'') /\ h !! Z.to_nat p = Some v /\
        rep q'' max H (<[j := p + 1]> P)
    else rep q' max H P /\ p = zlen h /\ (zlen h = max \/ j = 7%nat).
Proof.
  intros Hr. destruct (prepare_pop_loop_spec 9 q max H P Hr) as (b & q' & Hq & Hr' & h & p & Hh & Hp & Hb).
  { destruct Hr; lia. }
  exists b, q', (Z.to_nat (m_index q')), h, p. split; [done|]. split; [done|]. split; [done|].
  split.
  - intros i hi pi Hi. destruct Hr' as [_ _ _ _ _ _ _ ? Hdr _]. apply Hdr. lia.
  - destruct b.
    + destruct (pop_rep q' max H P h p Hr' Hh Hp Hb) as (v & q'' & ? & ? & ?). eauto.
    + destruct Hb as [-> Hb]. split; [done|]. split; [done|].
      destruct Hb as [?|E]; [by left|right]. rewrite E. done.
Qed.

Definition sample_filled : PartialQueue :=
  snd (res_value (false, sample) (insert sample 5 77)).

Lemma sample_filled_rep :
  rep sample_filled 2 [[]; []; [77]; []; []; []; []; []] (replicate 8 0).
Proof.
  destruct (insert_rep sample 2 (replicate 8 []) (replicate 8 0) 5 77 sample_rep)
    as [(_ & q' & h & Hi & Hh & Hr)|[Hc _]]; [lia| |destruct (Hc eq_refl)].
  unfold sample_filled. rewrite Hi. vm_compute in Hh. injection Hh as <-. exact Hr.
Qed.

Lemma pop_rarest_first_witness :
  exists q' q'', prepare_pop sample_filled = Ok (true, q') /\ pop q' = Ok (77, q'').
Proof.
  destruct (pop_rarest_first sample_filled 2 _ _ sample_filled_rep)
    as (b & q' & j & h & p & H1 & _ & _ & _ & Hb).
  pose proof H1 as H2. vm_compute in H2. injection H2 as <- <-.
  destruct Hb as (v & q'' & Hp & _).
  eexists _, q''. split; [exact H1|]. rewrite Hp.
  vm_compute in Hp. injection Hp as <- _. reflexivity.
Defined.

End PartialQueue.
