(* ===== verification/Rate.v ===== *)
(** * Transfer rates (src/torrent/rate.h, src/torrent/rate.cc)

    [Rate] counts bytes per second of the last [m_span] seconds in a deque of
    (second, bytes) pairs, newest first, and keeps the running sum [m_current].
    The clock is an argument of each operation.  The theorem relates the
    running sum to the whole history of insertions. *)

From S2P Require Import Prelude.

Module Rate.

Record Rate := mkRate {
  m_container : list (Z * Z);
  m_current : Z;
  m_total : Z;
  m_span : Z
}.

Definition new_rate (span : Z) : Rate := mkRate [] 0 0 span.

(** ** Operations *)

(** The loop of [discard_old] on the deque seen from the back. *)
Fixpoint discard_back (limit : Z) (l : list (Z * Z)) (current : Z) : list (Z * Z) * Z :=
  match l with
  | (t, b) :: l' =>
      if t <? limit then discard_back limit l' (u64 (current - b)) else (l, current)
  | [] => ([], current)
  end.

Definition discard_old (now : Z) (r : Rate) : Rate :=
  let '(l, current) := discard_back (now - m_span r) (rev (m_container r)) (m_current r) in
  mkRate (rev l) current (m_total r) (m_span r).

Definition rate (now : Z) (r : Rate) : res (Z * Rate) :=
  let r := discard_old now r in
  _ ← ub_when (u64 (m_span r) =? 0);
  Ok (m_current r / u64 (m_span r), r).

Definition insert (now : Z) (r : Rate) (bytes : Z) : res Rate :=
  let r := discard_old now r in
  _ ← throw_when ((2 ^ 40 <? m_current r) || (2 ^ 28 <? bytes)) internal_error;
  let c :=
    match m_container r with
    | (t, b) :: l =>
        if t =? now then (t, u64 (b + bytes)) :: l else (s32 now, bytes) :: m_container r
    | [] => [(s32 now, bytes)]
    end in
  Ok (mkRate c (u64 (m_current r + bytes)) (u64 (m_total r + bytes)) (m_span r)).

Definition total (r : Rate) : Z := m_total r.
Definition set_total (r : Rate) (bytes : Z) : Rate :=
  mkRate (m_container r) (m_current r) bytes (m_span r).
Definition span (r : Rate) : Z := m_span r.
Definition set_span (r : Rate) (s : Z) : Rate :=
  mkRate (m_container r) (m_current r) (m_total r) s.
Definition reset_rate (r : Rate) : Rate := mkRate [] 0 (m_total r) (m_span r).

(** ** Abstraction: the history of insertions *)

Definition bytes_of (h : list (Z * Z)) : Z := foldr (fun e acc => snd e + acc) 0 h.

(** Bytes of the entries at or after [limit]. *)
Definition window (limit : Z) (h : list (Z * Z)) : Z :=
  bytes_of (List.filter (fun e => limit <=? fst e) h).

(** [hist] holds every insertion, newest first; nothing after [limit] was discarded. *)
Record rep (r : Rate) (now limit : Z) (hist : list (Z * Z)) : Prop := {
  rep_sorted : StronglySorted (fun a b : Z * Z => a.1 < b.1) (rev (m_container r));
  rep_recent : Forall (fun e : Z * Z => 0 <= e.1 <= now /\ 0 <= e.2) (m_container r);
  rep_current : m_current r = bytes_of (m_container r);
  rep_window : forall x, limit <= x -> window x (m_container r) = window x hist;
  rep_bound : m_current r <= 2 ^ 40 + 2 ^ 28
}.

(** ** Lemmas *)

Lemma bytes_of_app h k : bytes_of (h ++ k) = bytes_of h + bytes_of k.
Proof. induction h; simpl; [done|]. lia. Qed.

Lemma bytes_of_rev h : bytes_of (rev h) = bytes_of h.
Proof. induction h; simpl; [done|]. rewrite bytes_of_app. simpl. lia. Qed.

Lemma bytes_of_nonneg h : Forall (fun e : Z * Z => 0 <= e.2) h -> 0 <= bytes_of h.
Proof. induction 1; simpl in *; lia. Qed.

Lemma window_cons x e h : window x (e :: h) = (if x <=? fst e then snd e else 0) + window x h.
Proof. unfold window. simpl. by destruct (x <=? fst e). Qed.

Lemma StronglySorted_snoc {A} (R : A -> A -> Prop) l x :
  StronglySorted R l -> Forall (fun a => R a x) l -> StronglySorted R (l ++ [x]).
Proof.
  induction 1 as [|a l Hs IH Ha]; intros Hf; simpl.
  - repeat constructor.
  - apply Forall_cons in Hf as [??]. constructor; [auto|]. apply Forall_app. auto.
Qed.

(** On a sorted deque the loop keeps exactly the recent entries. *)
Lemma discard_back_filter limit l current :
  StronglySorted (fun a b : Z * Z => a.1 < b.1) l ->
  Forall (fun e : Z * Z => 0 <= e.2) l ->
  current = bytes_of l -> current < 2 ^ 64 ->
  discard_back limit l current =
  (List.filter (fun e => limit <=? fst e) l, bytes_of (List.filter (fun e => limit <=? fst e) l)).
Proof.
  intros Hs. revert current. induction Hs as [|[t b] l Hs IH Hf]; intros current Hn -> Hb; [done|].
  apply Forall_cons in Hn as [Hb0 Hn]. simpl in *. pose proof (bytes_of_nonneg l Hn).
  destruct (t <? limit) eqn:E; bool_prop.
  - rewrite (proj2 (Z.leb_gt limit t)) by lia. width. apply IH; (done || lia).
  - rewrite (proj2 (Z.leb_le limit t)) by lia.
    assert (Hall : List.filter (fun e : Z * Z => limit <=? fst e) l = l).
    { clear -Hf E. induction Hf as [|e l He _ IH]; [done|]. simpl in *.
      rewrite (proj2 (Z.leb_le limit e.1)) by lia. by rewrite IH. }
    simpl. by rewrite Hall.
Qed.

Lemma filter_rev {A} (f : A -> bool) l : List.filter f (rev l) = rev (List.filter f l).
Proof.
  induction l as [|a l IH]; [done|]. simpl. rewrite List.filter_app, IH. simpl.
  by destruct (f a); [|rewrite app_nil_r].
Qed.

Lemma Forall_filter_bool {A} (P : A -> Prop) f l : Forall P l -> Forall P (List.filter f l).
Proof. induction 1; simpl; [constructor|]. destruct (f x); [by constructor|done]. Qed.

Lemma StronglySorted_filter {A} (R : A -> A -> Prop) f l :
  StronglySorted R l -> StronglySorted R (List.filter f l).
Proof.
  induction 1; simpl; [constructor|]. destruct (f a); [|done].
  constructor; [done|by apply Forall_filter_bool].
Qed.

Lemma window_filter x limit h : limit <= x ->
  window x (List.filter (fun e => limit <=? fst e) h) = window x h.
Proof.
  intros Hx. induction h as [|e h IH]; [done|]. simpl.
  destruct (limit <=? fst e) eqn:E; rewrite !window_cons, ?IH; [done|]. bool_prop.
  rewrite (proj2 (Z.leb_gt x (fst e))) by lia. lia.
Qed.

Lemma discard_old_filter r now limit hist : rep r now limit hist -> forall now',
  discard_old now' r =
  mkRate (List.filter (fun e => now' - m_span r <=? fst e) (m_container r))
         (window (now' - m_span r) (m_container r)) (m_total r) (m_span r).
Proof.
  intros [Hs Hr Hc _ Hb] now'. unfold discard_old.
  rewrite discard_back_filter; [|done| |by rewrite bytes_of_rev|lia].
  - unfold window. by rewrite filter_rev, rev_involutive, bytes_of_rev.
  - apply Forall_rev. eapply Forall_impl; [exact Hr|]. simpl. tauto.
Qed.

Lemma window_le x h : Forall (fun e : Z * Z => 0 <= e.2) h -> window x h <= bytes_of h.
Proof.
  induction 1 as [|e h He Hh IH]; [done|]. rewrite window_cons. simpl in *.
  destruct (x <=? fst e); lia.
Qed.

Lemma discard_old_rep r now now' limit hist : rep r now limit hist -> now <= now' ->
  limit <= now' - m_span r ->
  rep (discard_old now' r) now' (now' - m_span r) hist /\
  m_current (discard_old now' r) = window (now' - m_span r) hist.
Proof.
  intros Hrep Hn Hl. rewrite (discard_old_filter r now limit hist Hrep).
  destruct Hrep as [Hs Hr Hc Hw Hb]. split; [|by apply Hw].
  split; cbn [m_container m_current m_total m_span].
  - rewrite <- filter_rev. by apply StronglySorted_filter.
  - apply Forall_filter_bool. eapply Forall_impl; [exact Hr|]. simpl. lia.
  - done.
  - intros x Hx. rewrite window_filter by done. apply Hw. lia.
  - etransitivity; [|exact Hb]. rewrite Hc. apply window_le.
    eapply Forall_impl; [exact Hr|]. simpl. tauto.
Qed.

Lemma front_is_newest c now : StronglySorted (fun a b : Z * Z => a.1 < b.1) (rev c) ->
  Forall (fun e : Z * Z => 0 <= e.1 <= now /\ 0 <= e.2) c ->
  (match c with [] => True | e :: _ => e.1 <> now end) ->
  Forall (fun e : Z * Z => e.1 < now) c.
Proof.
  intros Hs Hr Hf. destruct c as [|e c]; [constructor|].
  apply Forall_cons in Hr as [He Hr]. constructor; [lia|]. simpl in Hs.
  assert (Hlt : Forall (fun a : Z * Z => a.1 < e.1) (rev c)).
  { clear -Hs. induction (rev c) as [|a l IH]; [constructor|]. simpl in Hs.
    apply StronglySorted_inv in Hs as [Hs Ha]. apply Forall_app in Ha as [_ Ha].
    apply Forall_cons in Ha as [Ha _]. constructor; [done|]. by apply IH. }
  apply Forall_rev in Hlt. rewrite rev_involutive in Hlt.
  eapply Forall_impl; [exact Hlt|]. simpl. lia.
Qed.

(** Adding to the deque of an up-to-date rate. *)
Lemma rate_insert_rep r r' now limit hist bytes :
  rep r now limit hist -> 0 <= now < 2 ^ 31 -> limit <= now - m_span r ->
  0 <= bytes -> 
  insert now r bytes = Ok r' ->
  rep r' now (now - m_span r) ((now, bytes) :: hist) /\ m_span r' = m_span r.
Proof.
  intros Hrep Hn Hl Hb Hi. unfold insert in Hi.
  destruct (discard_old_rep r now now limit hist Hrep ltac:(lia) Hl) as [Hd Hcur].
  assert (Hsp : m_span (discard_old now r) = m_span r)
    by (by rewrite (discard_old_filter r now limit hist Hrep)).
  set (r1 := discard_old now r) in *. clearbody r1. clear Hrep.
  apply bind_ok in Hi as (u & E & Hi). apply throw_when_ok in E. bool_prop.
  injection Hi as <-. split; [|done].
  destruct Hd as [Hs Hr Hc Hw _].
  assert (Hnn : Forall (fun e : Z * Z => 0 <= e.2) (m_container r1))
    by (eapply Forall_impl; [exact Hr|]; simpl; tauto).
  pose proof (bytes_of_nonneg _ Hnn) as Hpos.
  assert (Hs32 : s32 now = now) by (unfold s32; rewrite Z.mod_small; lia).
  rewrite Hs32. destruct (m_container r1) as [|[t b] c] eqn:Ec.
  - split; cbn [m_container m_current]; simpl in *; width; try lia.
    + repeat constructor.
    + repeat constructor; simpl; lia.
    + intros x Hx. rewrite !window_cons. simpl. by rewrite <- Hw by done.
  - apply Forall_cons in Hr as [Ht Hr]. apply Forall_cons in Hnn as [Hb0 Hnn].
    pose proof (bytes_of_nonneg _ Hnn) as Hpos'. simpl in *.
    destruct (t =? now) eqn:Et; bool_prop.
    + subst t. assert (b <= m_current r1) by lia.
      split; cbn [m_container m_current]; simpl in *; width; try lia.
      * clear -Hs. apply StronglySorted_snoc.
        -- induction (rev c); [constructor|]. simpl in Hs. apply StronglySorted_inv in Hs as [Hs Ha].
           apply Forall_app in Ha as [Ha _]. constructor; [auto|done].
        -- induction (rev c); [constructor|]. simpl in Hs. apply StronglySorted_inv in Hs as [Hs Ha].
           apply Forall_app in Ha as [_ Ha]. apply Forall_cons in Ha as [Ha _]. constructor; [done|auto].
      * constructor; [simpl; lia|done].
      * intros x Hx. specialize (Hw x Hx). rewrite window_cons in Hw. rewrite !window_cons. simpl in *.
        rewrite <- Hw. destruct (x <=? now); lia.
    + split; cbn [m_container m_current]; width; try lia.
      * simpl. apply StronglySorted_snoc; [done|]. simpl in *.
        change (rev c ++ [(t, b)]) with (rev ((t, b) :: c)). apply Forall_rev.
        apply (front_is_newest ((t, b) :: c) now); [done|by constructor|done].
      * constructor; [simpl; lia|]. by constructor.
      * simpl. lia.
      * intros x Hx. rewrite !(window_cons x (now, bytes)). simpl. by rewrite <- Hw by done.
Qed.

(** ** Properties *)

(** A run of insertions at the given times, oldest first. *)
Fixpoint insert_all (r : Rate) (events : list (Z * Z)) : res Rate :=
  match events with
  | [] => Ok r
  | (t, b) :: events => r ← insert t r b; insert_all r events
  end.

Fixpoint nondecreasing (from : Z) (events : list (Z * Z)) : Prop :=
  match events with
  | [] => True
  | (t, b) :: events => from <= t < 2 ^ 31 /\ 0 <= b /\ nondecreasing t events
  end.

Fixpoint last_time (from : Z) (events : list (Z * Z)) : Z :=
  match events with [] => from | (t, _) :: events => last_time t events end.

(** At second [now] the rate can count [n] more bytes before its limit. *)
Definition accepts (now n : Z) (r : Rate) : Prop :=
  0 <= now < 2 ^ 31 /\ 0 < m_span r < 2 ^ 31 /\
  exists limit hist, rep r now limit hist /\ limit <= now - m_span r /\
    window (now - m_span r) hist + n <= 2 ^ 40.

Lemma accepts_insert now n r bytes : accepts now n r -> 0 <= bytes <= n -> bytes <= 2 ^ 28 ->
  exists r', insert now r bytes = Ok r' /\ accepts now (n - bytes) r'.
Proof.
  intros (Hn & Hs & limit & hist & Hrep & Hl & Hw) Hb Hmax.
  destruct (insert now r bytes) as [r'| |] eqn:E.
  - destruct (rate_insert_rep r r' now limit hist bytes Hrep Hn Hl ltac:(lia) E) as [Hrep' Hsp].
    exists r'. split; [done|]. split; [done|]. rewrite Hsp. split; [done|].
    do 2 eexists. split; [exact Hrep'|]. split; [lia|]. rewrite window_cons. simpl.
    destruct (now - m_span r <=? now); lia.
  - exfalso. unfold insert in E. destruct (discard_old_rep r now now limit hist Hrep ltac:(lia) Hl) as [_ Hc].
    rewrite Hc in E. rewrite (proj2 (Z.ltb_ge (2 ^ 40) _)), (proj2 (Z.ltb_ge (2 ^ 28) _)) in E by lia. done.
  - exfalso. unfold insert in E. by destruct (_ || _) in E.
Qed.

Lemma accepts_le now n m r : accepts now n r -> m <= n -> accepts now m r.
Proof. intros (Hn & Hs & l & h & Hr & Hl & Hw) Hm. split; [done|]. split; [done|]. exists l, h. repeat split; (apply Hr || lia). Qed.

Lemma insert_all_rep events r r' now limit hist :
  rep r now limit hist -> 0 <= now -> limit <= now - m_span r -> nondecreasing now events ->
  insert_all r events = Ok r' ->
  m_span r' = m_span r /\
  exists limit', rep r' (last_time now events) limit' (rev events ++ hist) /\
    limit' <= last_time now events - m_span r /\ now <= last_time now events.
Proof.
  revert r now limit hist. induction events as [|[t b] events IH]; intros r now limit hist Hr H0 Hl Hn Hi.
  - injection Hi as <-. split; [done|]. exists limit. split; [done|]. simpl. lia.
  - simpl in Hn, Hi. destruct Hn as (Ht & Hb & Hn). res_inv.
    assert (Hr0 : rep r t limit hist).
    { destruct Hr as [? Hrec ? ? ?]. split; try done. eapply Forall_impl; [exact Hrec|]. simpl. lia. }
    destruct (rate_insert_rep r v t limit hist b Hr0 ltac:(lia) ltac:(lia) Hb E) as [Hr1 Hsp].
    destruct (IH v t (t - m_span r) _ Hr1 ltac:(lia) ltac:(rewrite Hsp; lia) Hn Hi)
      as (Hsp' & limit' & Hr2 & Hl2 & Hle).
    rewrite Hsp in *. split; [done|]. exists limit'. simpl. rewrite <- app_assoc. simpl.
    split; [done|lia].
Qed.

(** After any sequence of insertions at non-decreasing times, [rate] is the
    number of bytes inserted in the last [span] seconds divided by [span]: old
    seconds are forgotten exactly when they leave the window, and the 64-bit sum
    neither overflows nor drifts. *)
Theorem rate_is_window_average (span now : Z) (events : list (Z * Z)) (r : Rate) :
  0 < span < 2 ^ 31 -> nondecreasing 0 events -> last_time 0 events <= now ->
  insert_all (new_rate span) events = Ok r ->
  exists r', rate now r = Ok (window (now - span) (rev events) / span, r').
Proof.
  intros Hsp Hn Hnow Hi.
  assert (H0 : rep (new_rate span) 0 (- span) []) by (split; simpl; (constructor || lia || done)).
  destruct (insert_all_rep events (new_rate span) r 0 (- span) [] H0) as (Hs & limit & Hr & Hl & _);
    try done; try (simpl; lia).
  simpl in Hs, Hl. rewrite app_nil_r in Hr.
  destruct (discard_old_rep r _ now limit _ Hr Hnow) as [_ Hc]; [lia|].
  unfold rate. rewrite Hc.
  assert (Hm : m_span (discard_old now r) = span)
    by (by rewrite (discard_old_filter r _ _ _ Hr)).
  rewrite Hm, Hs. width. rewrite (proj2 (Z.eqb_neq span 0)) by lia. res_simpl. eauto.
Qed.

Lemma rate_is_window_average_witness :
  exists r', rate 12 (res_value (new_rate 10) (insert_all (new_rate 10) [(1, 500); (5, 70); (12, 30)]))
             = Ok (10, r').
Proof.
  apply (rate_is_window_average 10 12 [(1, 500); (5, 70); (12, 30)]);
    [lia|simpl; lia|simpl; lia|vm_compute; reflexivity].
Defined.

End Rate.
