(* ===== verification/ChunkStatistics.v ===== *)
(** * Chunk rarity statistics (src/download/chunk_statistics.h, .cc)

    For every chunk, how many of the accounted peers have it; complete peers
    are only counted in [m_complete].  [PeerChunks] is the part of a
    connection the statistics and the chunk selector work on
    (src/protocol/peer_chunks.h).  The file proves the invariant that ties the
    8-bit counters to the connected peers' bitfields over every sequence of
    connects, disconnects and HAVE messages. *)

From S2P Require Import Prelude Bitfield PartialQueue Rate.

Module PeerChunks.

Record PeerChunks := mkPeerChunks {
  m_usingCounter : bool;
  m_bitfield : Bitfield.Bitfield;
  m_downloadCache : PartialQueue.PartialQueue;
  m_peerRate : Rate.Rate
}.

Definition is_seeder (pc : PeerChunks) : bool := Bitfield.is_all_set (m_bitfield pc).
Definition using_counter (pc : PeerChunks) : bool := m_usingCounter pc.
Definition set_using_counter (pc : PeerChunks) (state : bool) : PeerChunks :=
  mkPeerChunks state (m_bitfield pc) (m_downloadCache pc) (m_peerRate pc).

Definition with_bitfield (pc : PeerChunks) (bf : Bitfield.Bitfield) : PeerChunks :=
  mkPeerChunks (m_usingCounter pc) bf (m_downloadCache pc) (m_peerRate pc).
Definition with_cache (pc : PeerChunks) (q : PartialQueue.PartialQueue) : PeerChunks :=
  mkPeerChunks (m_usingCounter pc) (m_bitfield pc) q (m_peerRate pc).
Definition with_rate (pc : PeerChunks) (r : Rate.Rate) : PeerChunks :=
  mkPeerChunks (m_usingCounter pc) (m_bitfield pc) (m_downloadCache pc) r.

End PeerChunks.

Module ChunkStatistics.
Import PeerChunks.

(** The [std::vector<uint8_t>] base class and the two counters. *)
Record ChunkStatistics := mkChunkStatistics {
  base : list Z;
  m_complete : Z;
  m_accounted : Z
}.

Definition empty_statistics : ChunkStatistics := mkChunkStatistics [] 0 0.

(** ** Operations *)

Definition max_accounted : Z := 255.

Definition should_add (cs : ChunkStatistics) (pc : PeerChunks) : bool :=
  m_accounted cs <? max_accounted.

Definition initialize (cs : ChunkStatistics) (s : Z) : res ChunkStatistics :=
  _ ← throw_when (negb (zlen (base cs) =? 0)) internal_error;
  Ok (mkChunkStatistics (replicate (Z.to_nat s) 0) (m_complete cs) (m_accounted cs)).

Definition clear (cs : ChunkStatistics) : res ChunkStatistics :=
  _ ← throw_when (negb (m_complete cs =? 0)) internal_error;
  Ok (mkChunkStatistics [] (m_complete cs) (m_accounted cs)).

(** [*itr op= bitfield->get(index)] for every index of the bitfield. *)
Fixpoint bits_loop (op : Z -> Z -> Z) (bf : Bitfield.Bitfield) (n : nat) (index : Z)
    (vec : list Z) : res (list Z) :=
  match n with
  | O => Ok vec
  | S n =>
      c ← of_deref (zlookup vec index);
      g ← Bitfield.get bf index;
      bits_loop op bf n (u32 (index + 1)) (zinsert index (u8 (op c (b2z g))) vec)
  end.

Definition received_connect (cs : ChunkStatistics) (pc : PeerChunks)
    : res (ChunkStatistics * PeerChunks) :=
  _ ← throw_when (using_counter pc) internal_error;
  if Bitfield.is_all_set (m_bitfield pc) then
    Ok (mkChunkStatistics (base cs) (u32 (m_complete cs + 1)) (m_accounted cs),
        set_using_counter pc true)
  else if negb (Bitfield.is_all_unset (m_bitfield pc)) && should_add cs pc then
    vec ← bits_loop Z.add (m_bitfield pc)
            (Z.to_nat (Bitfield.size_bits (m_bitfield pc))) 0 (base cs);
    Ok (mkChunkStatistics vec (m_complete cs) (u32 (m_accounted cs + 1)),
        set_using_counter pc true)
  else Ok (cs, pc).

Definition received_disconnect (cs : ChunkStatistics) (pc : PeerChunks)
    : res (ChunkStatistics * PeerChunks) :=
  if negb (using_counter pc) then Ok (cs, pc)
  else
    let pc := set_using_counter pc false in
    if Bitfield.is_all_set (m_bitfield pc) then
      Ok (mkChunkStatistics (base cs) (u32 (m_complete cs - 1)) (m_accounted cs), pc)
    else
      _ ← throw_when (m_accounted cs =? 0) internal_error;
      vec ← bits_loop Z.sub (m_bitfield pc)
              (Z.to_nat (Bitfield.size_bits (m_bitfield pc))) 0 (base cs);
      Ok (mkChunkStatistics vec (m_complete cs) (u32 (m_accounted cs - 1)), pc).

Definition received_have_chunk (now : Z) (cs : ChunkStatistics) (pc : PeerChunks)
    (index length : Z) : res (ChunkStatistics * PeerChunks) :=
  '(cs, pc) ←
    (if Bitfield.is_all_unset (m_bitfield pc) && should_add cs pc then
       _ ← throw_when (using_counter pc) internal_error;
       Ok (mkChunkStatistics (base cs) (m_complete cs) (u32 (m_accounted cs + 1)),
           set_using_counter pc true)
     else Ok (cs, pc));
  bf ← Bitfield.set (m_bitfield pc) index;
  let pc := with_bitfield pc bf in
  r ← Rate.insert now (m_peerRate pc) length;
  let pc := with_rate pc r in
  if using_counter pc then
    c ← of_deref (zlookup (base cs) index);
    let vec := zinsert index (u8 (c + 1)) (base cs) in
    if Bitfield.is_all_set (m_bitfield pc) then
      _ ← throw_when (m_accounted cs =? 0) internal_error;
      Ok (mkChunkStatistics ((fun c => u8 (c - 1)) <$> vec)
            (u32 (m_complete cs + 1)) (u32 (m_accounted cs - 1)), pc)
    else Ok (mkChunkStatistics vec (m_complete cs) (m_accounted cs), pc)
  else if Bitfield.is_all_set (m_bitfield pc) then
    Ok (mkChunkStatistics (base cs) (u32 (m_complete cs + 1)) (m_accounted cs),
        set_using_counter pc true)
  else Ok (cs, pc).

Definition rarity (cs : ChunkStatistics) (n : Z) : res Z := of_deref (zlookup (base cs) n).

(** ** The system: the statistics and the connected peers *)

Inductive event :=
  | EvConnect (pc : PeerChunks)
  | EvDisconnect (k : nat)
  | EvHave (now : Z) (k : nat) (index length : Z).

Definition deliver (e : event) (cs : ChunkStatistics) (peers : list PeerChunks)
    : res (ChunkStatistics * list PeerChunks) :=
  match e with
  | EvConnect pc =>
      '(cs, pc) ← received_connect cs pc; Ok (cs, peers ++ [pc])
  | EvDisconnect k =>
      pc ← of_deref (peers !! k);
      '(cs, _) ← received_disconnect cs pc; Ok (cs, delete k peers)
  | EvHave now k index length =>
      pc ← of_deref (peers !! k);
      '(cs, pc) ← received_have_chunk now cs pc index length;
      Ok (cs, <[k := pc]> peers)
  end.

(** What the connection code guarantees of each event: a new peer is not yet
    counted and its bitfield is read, a HAVE is for a chunk the peer did not
    have, with an amount its rate counter takes. *)
Definition event_ok (n : Z) (e : event) (peers : list PeerChunks) : Prop :=
  match e with
  | EvConnect pc =>
      using_counter pc = false /\ Bitfield.ready n (m_bitfield pc) /\
      zlen peers < 2 ^ 32 - 1
  | EvDisconnect k => is_Some (peers !! k)
  | EvHave now k index length =>
      exists pc r, peers !! k = Some pc /\ 0 <= index < n /\
        Bitfield.bit (m_bitfield pc) index = false /\
        Rate.insert now (m_peerRate pc) length = Ok r
  end.

(** A peer that is counted chunk by chunk, and one counted as complete. *)
Definition accounted_peer (pc : PeerChunks) : bool :=
  using_counter pc && negb (Bitfield.is_all_set (m_bitfield pc)).
Definition complete_peer (pc : PeerChunks) : bool :=
  using_counter pc && Bitfield.is_all_set (m_bitfield pc).
Definition has_chunk (i : Z) (pc : PeerChunks) : bool :=
  accounted_peer pc && Bitfield.bit (m_bitfield pc) i.

Record inv_core (n : Z) (cs : ChunkStatistics) (peers : list PeerChunks) : Prop := {
  inv_n : 0 < n;
  inv_ready : Forall (fun pc => Bitfield.ready n (m_bitfield pc)) peers;
  inv_length : zlen (base cs) = n;
  inv_complete : m_complete cs = Z.of_nat (count complete_peer peers);
  inv_accounted : m_accounted cs = Z.of_nat (count accounted_peer peers);
  inv_max : m_accounted cs <= max_accounted;
  inv_rarity : forall i, 0 <= i < n ->
    zlookup (base cs) i = Some (Z.of_nat (count (has_chunk i) peers));
  inv_peers : zlen peers < 2 ^ 32
}.

(** A counted peer has at least one chunk. *)
Definition inv (n : Z) (cs : ChunkStatistics) (peers : list PeerChunks) : Prop :=
  inv_core n cs peers /\
  Forall (fun pc => using_counter pc = true ->
            Bitfield.is_all_unset (m_bitfield pc) = false) peers.

(** ** Lemmas *)

Lemma bits_loop_spec op bf n k index vec : Bitfield.ready n bf ->
  zlen vec = n -> 0 <= index -> index + Z.of_nat k <= n ->
  exists vec', bits_loop op bf k index vec = Ok vec' /\ zlen vec' = n /\
    forall j, 0 <= j < n -> zlookup vec' j =
      (if (index <=? j) && (j <? index + Z.of_nat k)
       then (fun c => u8 (op c (b2z (Bitfield.bit bf j)))) <$> zlookup vec j
       else zlookup vec j).
Proof.
  intros Hr. revert index vec. induction k as [|k IH]; intros index vec Hl H0 Hk.
  - exists vec. split; [done|]. split; [done|]. intros j Hj.
    destruct (index <=? j) eqn:E1, (j <? index + Z.of_nat 0) eqn:E2; bool_prop; simpl; (done || lia).
  - cbn [bits_loop]. pose proof (Bitfield.ready_size n bf Hr).
    destruct (zlookup_lt_is_Some vec index) as [c Hc]; [lia|]. rewrite Hc. res_simpl.
    rewrite (Bitfield.get_bit n) by (done || lia). res_simpl. width.
    destruct (IH (index + 1) (zinsert index (u8 (op c (b2z (Bitfield.bit bf index)))) vec))
      as (vec' & Hv & Hl' & Hj); [by rewrite zlen_zinsert|lia..|].
    exists vec'. split; [done|]. split; [done|]. intros j Hjn. rewrite Hj by done.
    destruct (Z.eq_dec j index) as [->|Hne].
    + rewrite (proj2 (Z.leb_gt (index + 1) index)), (proj2 (Z.leb_le index index)) by lia.
      rewrite (proj2 (Z.ltb_lt index (index + Z.of_nat (S k)))) by lia. simpl.
      rewrite Hc. rewrite zlookup_zinsert_eq by lia. done.
    + rewrite zlookup_zinsert_ne by lia.
      destruct (index + 1 <=? j) eqn:E1, (j <? index + 1 + Z.of_nat k) eqn:E2,
        (index <=? j) eqn:E3, (j <? index + Z.of_nat (S k)) eqn:E4; bool_prop; simpl; (done || lia).
Qed.

Lemma has_chunk_accounted i peers :
  (count (has_chunk i) peers <= count accounted_peer peers)%nat.
Proof.
  apply count_impl, Forall_forall. intros pc _. unfold has_chunk. intros H. bool_prop. done.
Qed.

Lemma all_set_not_unset n bf : 0 < n -> Bitfield.ready n bf ->
  Bitfield.is_all_set bf = true -> Bitfield.is_all_unset bf = false.
Proof.
  intros Hn Hr Hs. rewrite (Bitfield.is_all_set_iff n bf Hr) in Hs.
  destruct (Bitfield.is_all_unset bf) eqn:E; [|done].
  rewrite (Bitfield.is_all_unset_iff n bf Hr) in E.
  specialize (Hs 0 ltac:(lia)). specialize (E 0 ltac:(lia)). congruence.
Qed.

(** The statistics change by what the peers contribute. *)
Definition change (n : Z) (cs cs' : ChunkStatistics) (dc da : Z) (dr : Z -> Z) : Prop :=
  m_complete cs' = m_complete cs + dc /\
  m_accounted cs' = m_accounted cs + da /\
  m_accounted cs' <= max_accounted /\
  zlen (base cs') = n /\
  forall i c, 0 <= i < n -> zlookup (base cs) i = Some c -> zlookup (base cs') i = Some (c + dr i).

Lemma inv_core_append n cs cs' peers pc : inv_core n cs peers ->
  Bitfield.ready n (m_bitfield pc) -> zlen peers < 2 ^ 32 - 1 ->
  change n cs cs' (b2z (complete_peer pc)) (b2z (accounted_peer pc)) (fun i => b2z (has_chunk i pc)) ->
  inv_core n cs' (peers ++ [pc]).
Proof.
  intros [Hn Hr Hl Hc Ha Hm Hra Hp] Hpc Hlt (Ec & Ea & Em & El & Er). split; try done.
  - apply Forall_app. split; [done|]. by apply Forall_cons.
  - rewrite count_app, count_cons, count_nil, Ec, Hc. unfold b2z. destruct (complete_peer pc); lia.
  - rewrite count_app, count_cons, count_nil, Ea, Ha. unfold b2z. destruct (accounted_peer pc); lia.
  - intros i Hi. rewrite (Er i _ Hi (Hra i Hi)), count_app, count_cons, count_nil. f_equal.
    unfold b2z. destruct (has_chunk i pc); lia.
  - unfold zlen in *. rewrite length_app. simpl. lia.
Qed.

Lemma inv_core_update n cs cs' peers k pc pc' : inv_core n cs peers ->
  peers !! k = Some pc -> Bitfield.ready n (m_bitfield pc') ->
  change n cs cs' (b2z (complete_peer pc') - b2z (complete_peer pc))
    (b2z (accounted_peer pc') - b2z (accounted_peer pc))
    (fun i => b2z (has_chunk i pc') - b2z (has_chunk i pc)) ->
  inv_core n cs' (<[k := pc']> peers).
Proof.
  intros [Hn Hr Hl Hc Ha Hm Hra Hp] Hk Hpc (Ec & Ea & Em & El & Er). split; try done.
  - by apply Forall_insert.
  - pose proof (count_insert complete_peer peers k pc pc' Hk). rewrite Ec, Hc.
    unfold b2z. destruct (complete_peer pc), (complete_peer pc'); lia.
  - pose proof (count_insert accounted_peer peers k pc pc' Hk). rewrite Ea, Ha.
    unfold b2z. destruct (accounted_peer pc), (accounted_peer pc'); lia.
  - intros i Hi. rewrite (Er i _ Hi (Hra i Hi)).
    pose proof (count_insert (has_chunk i) peers k pc pc' Hk). f_equal.
    unfold b2z. destruct (has_chunk i pc), (has_chunk i pc'); lia.
  - unfold zlen in *. by rewrite length_insert.
Qed.

Lemma inv_core_delete n cs cs' peers k pc : inv_core n cs peers -> peers !! k = Some pc ->
  change n cs cs' (- b2z (complete_peer pc)) (- b2z (accounted_peer pc))
    (fun i => - b2z (has_chunk i pc)) ->
  inv_core n cs' (delete k peers).
Proof.
  intros [Hn Hr Hl Hc Ha Hm Hra Hp] Hk (Ec & Ea & Em & El & Er). split; try done.
  - by apply Forall_delete.
  - pose proof (count_delete complete_peer peers k pc Hk). rewrite Ec, Hc.
    unfold b2z. destruct (complete_peer pc); lia.
  - pose proof (count_delete accounted_peer peers k pc Hk). rewrite Ea, Ha.
    unfold b2z. destruct (accounted_peer pc); lia.
  - intros i Hi. rewrite (Er i _ Hi (Hra i Hi)).
    pose proof (count_delete (has_chunk i) peers k pc Hk). f_equal.
    unfold b2z. destruct (has_chunk i pc); lia.
  - unfold zlen in *. rewrite length_delete by eauto. lia.
Qed.

(** Bounds on the counters and on one peer's share, for the wrap-around. *)
Lemma counters_bounds n cs peers i : inv_core n cs peers -> 0 <= i < n ->
  exists c, zlookup (base cs) i = Some c /\ 0 <= c <= m_accounted cs /\
    0 <= m_accounted cs <= 255 /\ 0 <= m_complete cs <= zlen peers /\ zlen peers < 2 ^ 32.
Proof.
  intros [Hn Hr Hl Hc Ha Hm Hra Hp] Hi. exists (Z.of_nat (count (has_chunk i) peers)).
  pose proof (has_chunk_accounted i peers). pose proof (count_le complete_peer peers).
  unfold max_accounted, zlen in *. split; [by apply Hra|]. lia.
Qed.

Lemma peer_share n cs peers i k pc : inv_core n cs peers -> 0 <= i < n -> peers !! k = Some pc ->
  b2z (complete_peer pc) <= m_complete cs <= zlen peers - 1 + b2z (complete_peer pc) /\
  b2z (accounted_peer pc) <= m_accounted cs /\
  forall c, zlookup (base cs) i = Some c -> b2z (has_chunk i pc) <= c.
Proof.
  intros [Hn Hr Hl Hc Ha Hm Hra Hp] Hi Hk.
  pose proof (count_delete complete_peer peers k pc Hk).
  pose proof (count_delete accounted_peer peers k pc Hk).
  pose proof (count_delete (has_chunk i) peers k pc Hk).
  pose proof (count_le complete_peer (delete k peers)). pose proof (lookup_lt_Some _ _ _ Hk).
  rewrite length_delete in * by eauto. unfold zlen.
  unfold b2z. repeat split;
    [destruct (complete_peer pc)|destruct (complete_peer pc)|destruct (accounted_peer pc)|]; try lia.
  intros c E. rewrite (Hra i Hi) in E. simplify_eq. destruct (has_chunk i pc); lia.
Qed.

(** ** One event at a time *)

Lemma connect_inv n cs peers pc : inv n cs peers -> using_counter pc = false ->
  Bitfield.ready n (m_bitfield pc) -> zlen peers < 2 ^ 32 - 1 ->
  exists cs' pc', received_connect cs pc = Ok (cs', pc') /\ inv n cs' (peers ++ [pc']).
Proof.
  intros [Hi Hu] Hnu Hr Hlt. pose proof Hi as [Hn _ Hl _ _ _ _ _].
  destruct (counters_bounds n cs peers 0 Hi ltac:(lia)) as (_ & _ & _ & Hab & Hcb & Hpb).
  unfold received_connect. rewrite Hnu. res_simpl.
  destruct (Bitfield.is_all_set (m_bitfield pc)) eqn:Es.
  - do 2 eexists. split; [reflexivity|]. split.
    + apply (inv_core_append n cs); try done.
      unfold complete_peer, accounted_peer, has_chunk, accounted_peer. simpl. rewrite Es. simpl.
      repeat split; simpl; width; try lia. { unfold max_accounted. lia. }
      intros i c _ ->. f_equal. lia.
    + apply Forall_app. split; [done|]. apply Forall_cons. split; [|done].
      intros _. by apply (all_set_not_unset n).
  - destruct (negb (Bitfield.is_all_unset (m_bitfield pc)) && should_add cs pc) eqn:Ea.
    + apply andb_true_iff in Ea as [Eun Eadd]. apply negb_true_iff in Eun.
      unfold should_add, max_accounted in Eadd. apply Z.ltb_lt in Eadd.
      assert (Hsz : Bitfield.size_bits (m_bitfield pc) = n) by apply Hr.
      destruct (bits_loop_spec Z.add (m_bitfield pc) n (Z.to_nat n) 0 (base cs) Hr Hl)
        as (vec' & Hv & Hl' & Hlk); [lia..|].
      rewrite Hsz, Hv. res_simpl. do 2 eexists. split; [reflexivity|]. split.
      * apply (inv_core_append n cs); try done.
        unfold complete_peer, accounted_peer, has_chunk, accounted_peer. simpl. rewrite Es. simpl.
        repeat split; simpl; width; try (done || lia). { unfold max_accounted. lia. }
        intros i c Hin Hc. rewrite Hlk, Hc by done.
        rewrite (proj2 (Z.leb_le 0 i)), (proj2 (Z.ltb_lt i (0 + Z.of_nat (Z.to_nat n)))) by lia.
        destruct (counters_bounds n cs peers i Hi Hin) as (c' & Hc' & ? & ? & _).
        rewrite Hc in Hc'. injection Hc' as <-.
        simpl. f_equal. apply u8_small. unfold b2z. destruct (Bitfield.bit _ i); lia.
      * apply Forall_app. split; [done|]. apply Forall_cons. by split.
    + do 2 eexists. split; [reflexivity|]. split.
      * apply (inv_core_append n cs); try done.
        unfold complete_peer, accounted_peer, has_chunk, accounted_peer. rewrite Hnu. simpl.
        repeat split; simpl; try (done || lia). { unfold max_accounted. lia. }
        intros i c _ ->. f_equal. lia.
      * apply Forall_app. split; [done|]. apply Forall_cons. split; [|done]. congruence.
Qed.

Lemma disconnect_inv n cs peers k pc : inv n cs peers -> peers !! k = Some pc ->
  exists cs' pc', received_disconnect cs pc = Ok (cs', pc') /\ inv n cs' (delete k peers).
Proof.
  intros [Hi Hu] Hk. pose proof Hi as [Hn Hrd Hl _ _ _ _ _].
  assert (Hr : Bitfield.ready n (m_bitfield pc)) by (by apply (Forall_lookup_1 _ _ _ _ Hrd Hk)).
  destruct (counters_bounds n cs peers 0 Hi ltac:(lia)) as (_ & _ & _ & Hab & Hcb & Hpb).
  pose proof (peer_share n cs peers 0 k pc Hi ltac:(lia) Hk) as (Sc & Sa & _).
  assert (Hu' : Forall (fun pc => using_counter pc = true ->
      Bitfield.is_all_unset (m_bitfield pc) = false) (delete k peers)) by (by apply Forall_delete).
  unfold received_disconnect. destruct (using_counter pc) eqn:Eu; simpl negb; cbv iota.
  - unfold set_using_counter. cbn [m_bitfield]. unfold complete_peer, accounted_peer in Sc, Sa.
    rewrite Eu in Sc, Sa. destruct (Bitfield.is_all_set (m_bitfield pc)) eqn:Es; simpl in Sc, Sa.
    + do 2 eexists. split; [reflexivity|]. split; [|done].
      apply (inv_core_delete n cs _ _ _ pc); try done.
      unfold complete_peer, accounted_peer, has_chunk, accounted_peer. rewrite Eu, Es. simpl.
      repeat split; simpl; width; try (done || lia). { unfold max_accounted. lia. }
      intros i c _ ->. f_equal. lia.
    + rewrite (proj2 (Z.eqb_neq (m_accounted cs) 0)) by lia. res_simpl.
      assert (Hsz : Bitfield.size_bits (m_bitfield pc) = n) by apply Hr.
      destruct (bits_loop_spec Z.sub (m_bitfield pc) n (Z.to_nat n) 0 (base cs) Hr Hl)
        as (vec' & Hv & Hl' & Hlk); [lia..|].
      rewrite Hsz, Hv. res_simpl. do 2 eexists. split; [reflexivity|]. split; [|done].
      apply (inv_core_delete n cs _ _ _ pc); try done.
      unfold complete_peer, accounted_peer, has_chunk, accounted_peer. rewrite Eu, Es. simpl.
      repeat split; simpl; width; try (done || lia). { unfold max_accounted. lia. }
      intros i c Hin Hc. rewrite Hlk, Hc by done.
      rewrite (proj2 (Z.leb_le 0 i)), (proj2 (Z.ltb_lt i (0 + Z.of_nat (Z.to_nat n)))) by lia.
      destruct (counters_bounds n cs peers i Hi Hin) as (c' & Hc' & ? & ? & _).
        rewrite Hc in Hc'. injection Hc' as <-.
      pose proof (peer_share n cs peers i k pc Hi Hin Hk) as (_ & _ & Sr). specialize (Sr c Hc).
      unfold has_chunk, accounted_peer in Sr. rewrite Eu, Es in Sr.
      unfold b2z in *. simpl in *. f_equal. apply u8_small. destruct (Bitfield.bit _ i); lia.
  - do 2 eexists. split; [reflexivity|]. split; [|done].
    apply (inv_core_delete n cs _ _ _ pc); try done.
    unfold complete_peer, accounted_peer, has_chunk, accounted_peer. rewrite Eu. simpl.
    repeat split; simpl; try (done || lia). { unfold max_accounted. lia. }
    intros i c _ ->. f_equal. lia.
Qed.

(** The first half of a HAVE: a peer with no chunk yet becomes accounted. *)
Lemma have_account_inv n cs peers k pc : inv n cs peers -> peers !! k = Some pc ->
  exists cs' pc',
    (if Bitfield.is_all_unset (m_bitfield pc) && should_add cs pc then
       _ ← throw_when (using_counter pc) internal_error;
       Ok (mkChunkStatistics (base cs) (m_complete cs) (u32 (m_accounted cs + 1)),
           set_using_counter pc true)
     else Ok (cs, pc)) = Ok (cs', pc') /\
    inv_core n cs' (<[k := pc']> peers) /\ m_bitfield pc' = m_bitfield pc /\
    m_peerRate pc' = m_peerRate pc.
Proof.
  intros [Hi Hu] Hk. pose proof Hi as [Hn Hrd Hl _ _ _ _ _].
  assert (Hr : Bitfield.ready n (m_bitfield pc)) by (by apply (Forall_lookup_1 _ _ _ _ Hrd Hk)).
  assert (Hup := Forall_lookup_1 _ _ _ _ Hu Hk). simpl in Hup.
  destruct (counters_bounds n cs peers 0 Hi ltac:(lia)) as (_ & _ & _ & Hab & Hcb & Hpb).
  destruct (Bitfield.is_all_unset (m_bitfield pc) && should_add cs pc) eqn:E.
  - apply andb_true_iff in E as [Eun Eadd]. unfold should_add, max_accounted in Eadd.
    apply Z.ltb_lt in Eadd. destruct (using_counter pc) eqn:Eu; [by rewrite Hup in Eun|].
    res_simpl. do 2 eexists. split; [reflexivity|]. split; [|done].
    apply (inv_core_update n cs _ _ _ pc); try done.
    assert (Es : Bitfield.is_all_set (m_bitfield pc) = false).
    { destruct (Bitfield.is_all_set (m_bitfield pc)) eqn:Es; [|done].
      by rewrite (all_set_not_unset n _ Hn Hr Es) in Eun. }
    rewrite (Bitfield.is_all_unset_iff n _ Hr) in Eun.
    unfold complete_peer, accounted_peer, has_chunk, accounted_peer. simpl. rewrite Eu, Es. simpl.
    repeat split; simpl; width; try (done || lia). { unfold max_accounted. lia. }
    intros i c Hin ->. rewrite Eun by done. simpl. f_equal. lia.
  - exists cs, pc. split; [done|]. by rewrite list_insert_id.
Qed.

Lemma accounted_not_complete pc : accounted_peer pc = true -> complete_peer pc = false.
Proof. unfold accounted_peer, complete_peer. by destruct (using_counter pc), (Bitfield.is_all_set _). Qed.

Lemma complete_not_accounted pc : complete_peer pc = true -> accounted_peer pc = false.
Proof. unfold accounted_peer, complete_peer. by destruct (using_counter pc), (Bitfield.is_all_set _). Qed.

(** A chunk that an accounted peer lacks is not counted for all of them. *)
Lemma lacking_chunk n cs peers i k pc c : inv_core n cs peers -> 0 <= i < n ->
  peers !! k = Some pc -> accounted_peer pc = true -> Bitfield.bit (m_bitfield pc) i = false ->
  zlookup (base cs) i = Some c -> c < m_accounted cs.
Proof.
  intros Hi Hin Hk Ha Hb Hc. rewrite (inv_rarity _ _ _ Hi i Hin) in Hc. injection Hc as <-.
  rewrite (inv_accounted _ _ _ Hi).
  pose proof (count_delete accounted_peer peers k pc Hk) as Ea.
  pose proof (count_delete (has_chunk i) peers k pc Hk) as Eh.
  unfold has_chunk at 2 in Eh. rewrite Hb, andb_false_r in Eh. rewrite Ha in Ea.
  pose proof (has_chunk_accounted i (delete k peers)). lia.
Qed.

(** The bitfield of a peer after the HAVE. *)
Definition gains (n index : Z) (bf bf' : Bitfield.Bitfield) : Prop :=
  Bitfield.ready n bf' /\ Bitfield.bit bf index = false /\
  forall i, 0 <= i < n -> Bitfield.bit bf' i = (index =? i) || Bitfield.bit bf i.

(** The peer was accounted and the chunk makes it complete. *)
Lemma have_completes n cs peers k pc pc' index c : inv_core n cs peers -> peers !! k = Some pc ->
  0 <= index < n -> gains n index (m_bitfield pc) (m_bitfield pc') ->
  accounted_peer pc = true -> complete_peer pc' = true ->
  zlookup (base cs) index = Some c ->
  inv_core n (mkChunkStatistics ((fun c => u8 (c - 1)) <$> zinsert index (u8 (c + 1)) (base cs))
      (u32 (m_complete cs + 1)) (u32 (m_accounted cs - 1))) (<[k := pc']> peers).
Proof.
  intros Hi Hk Hin (Hr' & Hbit & Hb') Ha Hcp Hc.
  pose proof (peer_share n cs peers index k pc Hi Hin Hk) as (Sc & Sa & _).
  destruct (counters_bounds n cs peers index Hi Hin) as (? & ? & ? & Hab & Hcm & Hpb).
  pose proof (inv_length _ _ _ Hi) as Hl.
  pose proof (accounted_not_complete pc Ha) as Hcf. pose proof (complete_not_accounted pc' Hcp) as Haf.
  rewrite Hcf in Sc. rewrite Ha in Sa. simpl in Sc, Sa.
  apply (inv_core_update n cs _ _ _ pc); try done. rewrite Hcf, Haf, Ha, Hcp.
  unfold change. simpl. split; [by width|]. split; [width; lia|].
  split; [width; unfold max_accounted; lia|]. split.
  { unfold zlen in *. rewrite length_fmap. change (zlen (zinsert index (u8 (c + 1)) (base cs)) = n).
    by rewrite zlen_zinsert. }
  unfold complete_peer in Hcp. apply andb_true_iff in Hcp as [_ Es].
  rewrite (Bitfield.is_all_set_iff n _ Hr') in Es. intros i ci Hi' Hci. rewrite zlookup_fmap.
  destruct (counters_bounds n cs peers i Hi Hi') as (c' & Hc' & Hcb' & _ & _).
  pose proof (peer_share n cs peers i k pc Hi Hi' Hk) as (_ & _ & Sr). specialize (Sr _ Hci).
  rewrite Hci in Hc'. injection Hc' as <-. specialize (Es i Hi'). rewrite Hb' in Es by done.
  unfold has_chunk in *. rewrite Ha, Haf in *. cbn [andb] in *.
  destruct (Z.eqb_spec index i) as [->|Hne].
  - rewrite zlookup_zinsert_eq by lia. rewrite Hc in Hci. injection Hci as <-.
    cbn [fmap option_fmap option_map]. rewrite Hbit. f_equal. cbn [b2z].
    unfold u8. rewrite Zminus_mod_idemp_l, Z.add_simpl_r, Z.mod_small; lia.
  - rewrite zlookup_zinsert_ne, Hci by done. simpl in Es |- *. rewrite Es in *. simpl in *. f_equal.
    rewrite u8_small by lia. lia.
Qed.

(** The peer was accounted and still lacks some chunk. *)
Lemma have_counts n cs peers k pc pc' index c : inv_core n cs peers -> peers !! k = Some pc ->
  0 <= index < n -> gains n index (m_bitfield pc) (m_bitfield pc') ->
  accounted_peer pc = true -> accounted_peer pc' = true ->
  zlookup (base cs) index = Some c ->
  inv_core n (mkChunkStatistics (zinsert index (u8 (c + 1)) (base cs))
      (m_complete cs) (m_accounted cs)) (<[k := pc']> peers).
Proof.
  intros Hi Hk Hin (Hr' & Hbit & Hb') Ha Ha' Hc.
  pose proof (lacking_chunk n cs peers index k pc c Hi Hin Hk Ha Hbit Hc).
  destruct (counters_bounds n cs peers index Hi Hin) as (c' & Hc' & ? & Hab & _ & _).
  rewrite Hc in Hc'. injection Hc' as <-. pose proof (inv_length _ _ _ Hi) as Hl.
  pose proof (accounted_not_complete pc Ha) as Hcf. pose proof (accounted_not_complete pc' Ha') as Hcf'.
  apply (inv_core_update n cs _ _ _ pc); try done. rewrite Hcf, Hcf', Ha, Ha'.
  unfold change. simpl. split; [lia|]. split; [lia|]. split; [apply (inv_max _ _ _ Hi)|].
  split; [by rewrite zlen_zinsert|]. intros i ci Hi' Hci. unfold has_chunk. rewrite Ha, Ha', Hb' by done.
  cbn [andb]. destruct (Z.eqb_spec index i) as [->|Hne].
  - rewrite zlookup_zinsert_eq by lia. rewrite Hc in Hci. injection Hci as <-.
    rewrite Hbit. cbn [orb b2z]. f_equal. rewrite u8_small by lia. lia.
  - rewrite zlookup_zinsert_ne, Hci by done. cbn [orb]. f_equal. lia.
Qed.

(** The peer is not counted: it only enters the statistics when complete. *)
Lemma have_uncounted n cs peers k pc pc' index : inv_core n cs peers -> peers !! k = Some pc ->
  0 <= index < n -> gains n index (m_bitfield pc) (m_bitfield pc') -> using_counter pc = false ->
  using_counter pc' = Bitfield.is_all_set (m_bitfield pc') ->
  inv_core n (mkChunkStatistics (base cs) (u32 (m_complete cs + b2z (using_counter pc')))
      (m_accounted cs)) (<[k := pc']> peers).
Proof.
  intros Hi Hk Hin (Hr' & Hbit & Hb') Hu Hu'.
  pose proof (peer_share n cs peers index k pc Hi Hin Hk) as (Sc & _ & _).
  destruct (counters_bounds n cs peers index Hi Hin) as (? & ? & ? & Hab & Hcm & Hpb).
  assert (Hc' : complete_peer pc' = using_counter pc' /\ accounted_peer pc' = false).
  { unfold complete_peer, accounted_peer. rewrite <- Hu'. by destruct (using_counter pc'). }
  assert (Hc : complete_peer pc = false /\ accounted_peer pc = false).
  { unfold complete_peer, accounted_peer. by rewrite Hu. }
  destruct Hc' as [Ec' Ea'], Hc as [Ec Ea]. rewrite Ec in Sc. simpl in Sc.
  apply (inv_core_update n cs _ _ _ pc); try done. rewrite Ec', Ea', Ec, Ea.
  unfold change, has_chunk. rewrite Ea, Ea'. cbn [base m_complete m_accounted].
  split. { unfold b2z. destruct (using_counter pc'); width; lia. } split; [simpl; lia|].
  split; [apply (inv_max _ _ _ Hi)|]. split; [apply (inv_length _ _ _ Hi)|].
  intros i ci _ ->. f_equal. simpl. lia.
Qed.

Lemma have_inv n now cs peers k pc index len r : inv n cs peers -> peers !! k = Some pc ->
  0 <= index < n -> Bitfield.bit (m_bitfield pc) index = false ->
  Rate.insert now (m_peerRate pc) len = Ok r ->
  exists cs' pc', received_have_chunk now cs pc index len = Ok (cs', pc') /\
    inv n cs' (<[k := pc']> peers).
Proof.
  intros Hinv Hk Hin Hbit Hrate. pose proof Hinv as [[Hn Hrd _ _ _ _ _ _] Hu].
  assert (Hr : Bitfield.ready n (m_bitfield pc)) by (by apply (Forall_lookup_1 _ _ _ _ Hrd Hk)).
  unfold received_have_chunk.
  destruct (have_account_inv n cs peers k pc Hinv Hk) as (cs1 & pc1 & -> & Hi & Ebf & Ert).
  res_simpl. destruct (Bitfield.set_bit n (m_bitfield pc) index Hr Hin) as (bf' & Hset & Hr' & Hb').
  rewrite Ebf, Hset. res_simpl. cbn [with_bitfield m_peerRate]. rewrite Ert, Hrate. res_simpl.
  cbv zeta. cbn [with_rate with_bitfield using_counter m_usingCounter m_bitfield].
  set (peers1 := <[k := pc1]> peers) in *.
  assert (Hk1 : peers1 !! k = Some pc1)
    by (apply list_lookup_insert_eq; by apply lookup_lt_Some in Hk).
  assert (Hg : gains n index (m_bitfield pc1) bf').
  { rewrite Ebf. split; [done|]. split; [done|]. intros i Hi'. by rewrite Hb'. }
  assert (Hun : Bitfield.is_all_unset bf' = false).
  { destruct (Bitfield.is_all_unset bf') eqn:E; [|done].
    rewrite (Bitfield.is_all_unset_iff n bf' Hr') in E. specialize (E index Hin).
    by rewrite Hb', Z.eqb_refl in E by done. }
  assert (Hns : Bitfield.is_all_set (m_bitfield pc1) = false).
  { destruct (Bitfield.is_all_set (m_bitfield pc1)) eqn:E; [|done]. rewrite Ebf in E.
    rewrite (Bitfield.is_all_set_iff n _ Hr) in E. by rewrite E in Hbit. }
  assert (Hfin : forall cs' pc', m_bitfield pc' = bf' -> inv_core n cs' (<[k := pc']> peers1) ->
    inv n cs' (<[k := pc']> peers)).
  { intros cs' pc' Eb Hc'. unfold peers1 in Hc'. rewrite list_insert_insert_eq in Hc'.
    split; [done|]. apply Forall_insert; [done|]. by rewrite Eb. }
  destruct (counters_bounds n cs1 peers1 index Hi Hin) as (c & Hc & _).
  destruct (m_usingCounter pc1) eqn:Eu.
  - assert (Ha : accounted_peer pc1 = true) by (unfold accounted_peer, using_counter; by rewrite Eu, Hns).
    pose proof (peer_share n cs1 peers1 index k pc1 Hi Hin Hk1) as (_ & Sa & _). rewrite Ha in Sa.
    rewrite Hc. res_simpl. destruct (Bitfield.is_all_set bf') eqn:Es.
    + rewrite (proj2 (Z.eqb_neq (m_accounted cs1) 0)) by (simpl in Sa; lia). res_simpl.
      do 2 eexists. split; [reflexivity|]. apply Hfin; [done|].
      by apply (have_completes n cs1 _ _ pc1); unfold complete_peer, using_counter; simpl; rewrite ?Eu, ?Es.
    + do 2 eexists. split; [reflexivity|]. apply Hfin; [done|].
      by apply (have_counts n cs1 _ _ pc1); unfold accounted_peer, using_counter; simpl; rewrite ?Eu, ?Hns, ?Es.
  - destruct (Bitfield.is_all_set bf') eqn:Es; (do 2 eexists; split; [reflexivity|]; apply Hfin; [done|]).
    + by apply (have_uncounted n cs1 _ _ pc1 (set_using_counter (mkPeerChunks _ bf' _ _) true) index).
    + pose proof (have_uncounted n cs1 peers1 k pc1 (mkPeerChunks (m_usingCounter pc1) bf' (m_downloadCache pc1) r) index Hi Hk1 Hin Hg Eu)
        as Hx. unfold using_counter in Hx. simpl in Hx. rewrite Es, Eu in Hx. specialize (Hx eq_refl).
      pose proof (counters_bounds n cs1 peers1 index Hi Hin) as (? & ? & ? & Hab & Hcm & Hpb).
      simpl in Hx. rewrite u32_small, Z.add_0_r in Hx by lia. rewrite <- Eu in Hx. by destruct cs1.
Qed.

(** C37: every event the connections deliver (a peer connects with a bitfield,
    disconnects, or announces a chunk) runs without an exception and without
    an access out of range, and keeps the invariant: [m_complete] counts the
    counted complete peers, [m_accounted] the others, at most 255, and the
    8-bit rarity of every chunk is exactly the number of accounted peers that
    have it, so it never wraps. *)
Theorem deliver_preserves_inv n e cs peers :
  inv n cs peers -> event_ok n e peers ->
  exists cs' peers', deliver e cs peers = Ok (cs', peers') /\ inv n cs' peers'.
Proof.
  intros Hinv He. destruct e as [pc|k|now k index len]; cbn [deliver event_ok] in *.
  - destruct He as (Hu & Hr & Hlt).
    destruct (connect_inv n cs peers pc Hinv Hu Hr Hlt) as (cs' & pc' & -> & H'). eauto.
  - destruct He as [pc Hk]. rewrite Hk. res_simpl.
    destruct (disconnect_inv n cs peers k pc Hinv Hk) as (cs' & pc' & -> & H'). eauto.
  - destruct He as (pc & r & Hk & Hin & Hb & Hrt). rewrite Hk. res_simpl.
    destruct (have_inv n now cs peers k pc index len r Hinv Hk Hin Hb Hrt) as (cs' & pc' & -> & H'). eauto.
Qed.

(** A peer with chunks 0 and 1 of three, and the statistics that count it. *)
Definition sample_peer : PeerChunks :=
  mkPeerChunks true (Bitfield.mkBitfield 3 2 (Some [192])) PartialQueue.empty_queue (Rate.new_rate 600).
Definition sample_statistics : ChunkStatistics := mkChunkStatistics [1; 1; 0] 0 1.

Lemma sample_statistics_inv : inv 3 sample_statistics [sample_peer].
Proof.
  assert (Hr : Bitfield.ready 3 (m_bitfield sample_peer)).
  { by apply Bitfield.ready_check_ready. }
  split; [split; try (reflexivity || lia || done)|].
  - by apply Forall_cons.
  - intros i Hi. assert (i = 0 \/ i = 1 \/ i = 2) as [-> | [-> | -> ]] by lia; reflexivity.
  - by apply Forall_cons.
Qed.

Lemma deliver_preserves_inv_witness : exists cs' peers',
  deliver (EvHave 100 0 2 1024) sample_statistics [sample_peer] = Ok (cs', peers') /\
  inv 3 cs' peers'.
Proof.
  apply (deliver_preserves_inv 3 (EvHave 100 0 2 1024) sample_statistics [sample_peer] sample_statistics_inv).
  exists sample_peer. eexists. split; [reflexivity|]. split; [lia|]. split; reflexivity.
Defined.

End ChunkStatistics.
