(* ===== verification/ChunkSelector.v ===== *)
(** * The chunk selector (src/download/chunk_selector.h, .cc)

    Which chunk to request next from a peer: a cached queue of candidates by
    rarity, refilled by a scan of the peer's bitfield against the untouched
    chunks within the high, then the normal priority ranges.  The file proves
    that a selected chunk is one the peer has and nobody has started, that no
    assertion of the code can fire, and that nothing is overlooked. *)

From S2P Require Import Prelude Bitfield Ranges PartialQueue Rate ChunkStatistics.

Module ChunkSelector.
Import PeerChunks.

Definition invalid_chunk : Z := 2 ^ 32 - 1.

(** The part of [download_data] the selector works on, and its own fields. *)
Record ChunkSelector := mkChunkSelector {
  completed_bitfield : Bitfield.Bitfield;
  untouched_bitfield : Bitfield.Bitfield;
  high_priority : Ranges.ranges;
  normal_priority : Ranges.ranges;
  m_statistics : ChunkStatistics.ChunkStatistics;
  m_sharedQueue : PartialQueue.PartialQueue;
  m_position : Z
}.

Definition size (s : ChunkSelector) : Z := Bitfield.size_bits (untouched_bitfield s).
Definition empty (s : ChunkSelector) : bool := size s =? 0.

Definition with_untouched (s : ChunkSelector) (bf : Bitfield.Bitfield) : ChunkSelector :=
  mkChunkSelector (completed_bitfield s) bf (high_priority s) (normal_priority s)
    (m_statistics s) (m_sharedQueue s) (m_position s).
Definition with_queue (s : ChunkSelector) (q : PartialQueue.PartialQueue) : ChunkSelector :=
  mkChunkSelector (completed_bitfield s) (untouched_bitfield s) (high_priority s)
    (normal_priority s) (m_statistics s) q (m_position s).
Definition with_position (s : ChunkSelector) (p : Z) : ChunkSelector :=
  mkChunkSelector (completed_bitfield s) (untouched_bitfield s) (high_priority s)
    (normal_priority s) (m_statistics s) (m_sharedQueue s) p.

(** ** Initialization *)

Definition initialize (s : ChunkSelector) (cs : ChunkStatistics.ChunkStatistics) : res ChunkSelector :=
  let completed := completed_bitfield s in
  u ← Bitfield.set_size_bits (untouched_bitfield s) (Bitfield.size_bits completed);
  let u := Bitfield.allocate u in
  let inverted :=
    match Bitfield.m_data completed, Bitfield.m_data u with
    | Some d, Some _ => Some ((fun v => u8 (Z.lnot v)) <$> d)
    | _, du => du
    end in
  u ← Bitfield.update (Bitfield.mkBitfield (Bitfield.m_size u) (Bitfield.m_set u) inverted);
  q ← PartialQueue.enable (m_sharedQueue s) 32;
  Ok (mkChunkSelector completed u (high_priority s) (normal_priority s) cs
        (PartialQueue.clear q) invalid_chunk).

(** A null statistics pointer is a vector that has no element to read. *)
Definition cleanup (s : ChunkSelector) : ChunkSelector :=
  mkChunkSelector (completed_bitfield s) (Bitfield.clear (untouched_bitfield s)) (high_priority s)
    (normal_priority s) ChunkStatistics.empty_statistics (m_sharedQueue s) (m_position s).

(** ** The position *)

(** [for (itr = ranges->find(first); itr != end && itr->first < last; ++itr)] *)
Fixpoint next_wanted_loop (untouched : Bitfield.Bitfield) (l : Ranges.ranges) (first last : Z)
    : res Z :=
  match l with
  | [] => Ok invalid_chunk
  | itr :: l =>
      if itr.1 <? last then
        let range_first := Z.max first itr.1 in
        let range_last := Z.min last itr.2 in
        chunk ← Bitfield.find_first_set untouched range_first range_last;
        if negb (chunk =? range_last) then Ok chunk
        else next_wanted_loop untouched l first last
      else Ok invalid_chunk
  end.

Definition next_wanted_in_ranges (untouched : Bitfield.Bitfield) (l : Ranges.ranges)
    (first last : Z) : res Z :=
  if last <=? first then Ok invalid_chunk
  else next_wanted_loop untouched (Ranges.find first l) first last.

Definition advance_position (s : ChunkSelector) : res ChunkSelector :=
  if empty s then Ok (with_position s invalid_chunk)
  else
    let start := m_position s in
    let start := if (start =? invalid_chunk) || (size s <=? start) then 0 else start in
    let untouched := untouched_bitfield s in
    let or_else pos l first last :=
      if pos =? invalid_chunk then next_wanted_in_ranges untouched l first last else Ok pos in
    pos ← next_wanted_in_ranges untouched (high_priority s) start (size s);
    pos ← or_else pos (high_priority s) 0 start;
    pos ← or_else pos (normal_priority s) start (size s);
    pos ← or_else pos (normal_priority s) 0 start;
    Ok (with_position s pos).

(** [r] is the value of [random()], when it is called. *)
Definition update_priorities (r : Z) (s : ChunkSelector) : res ChunkSelector :=
  if empty s then Ok s
  else
    let s := with_queue s (PartialQueue.clear (m_sharedQueue s)) in
    let s := if m_position s =? invalid_chunk then with_position s (r mod size s) else s in
    advance_position s.

Definition is_wanted (s : ChunkSelector) (index : Z) : res bool :=
  g ← Bitfield.get (untouched_bitfield s) index;
  Ok (g && (Ranges.has index (normal_priority s) || Ranges.has index (high_priority s))).

Definition using_index (s : ChunkSelector) (index : Z) : res ChunkSelector :=
  _ ← throw_when (size s <=? index) internal_error;
  g ← Bitfield.get (untouched_bitfield s) index;
  _ ← throw_when (negb g) internal_error;
  u ← Bitfield.unset (untouched_bitfield s) index;
  let s := with_untouched s u in
  if index =? m_position s then advance_position s else Ok s.

Definition not_using_index (s : ChunkSelector) (index : Z) : res ChunkSelector :=
  _ ← throw_when (size s <=? index) internal_error;
  g ← Bitfield.get (untouched_bitfield s) index;
  _ ← throw_when g internal_error;
  u ← Bitfield.set (untouched_bitfield s) index;
  let s := with_untouched s u in
  Ok (if m_position s =? invalid_chunk then with_position s index else s).

Definition received_have_chunk (s : ChunkSelector) (pc : PeerChunks) (index : Z)
    : res (bool * PeerChunks) :=
  g ← Bitfield.get (untouched_bitfield s) index;
  if negb g then Ok (false, pc)
  else if negb (Ranges.has index (high_priority s)) && negb (Ranges.has index (normal_priority s))
  then Ok (false, pc)
  else if PartialQueue.is_enabled (m_downloadCache pc) then
    r ← ChunkStatistics.rarity (m_statistics s) index;
    '(_, q) ← PartialQueue.insert (m_downloadCache pc) r index;
    Ok (true, with_cache pc q)
  else Ok (true, pc).

(** ** The scan *)

Section Scan.
Variable cs : ChunkStatistics.ChunkStatistics.
Variable untouched : Bitfield.Bitfield.

(** [for (int i = 0; i < 8; ++i)], with [n] rounds left. *)
Fixpoint byte_loop (n : nat) (i : Z) (pq : PartialQueue.PartialQueue) (index wanted : Z)
    : res (bool * PartialQueue.PartialQueue) :=
  match n with
  | O => Ok (true, pq)
  | S n =>
      if Z.land wanted (Bitfield.mask_at i) =? 0 then byte_loop n (i + 1) pq index wanted
      else
        r ← ChunkStatistics.rarity cs (u32 (index + i));
        '(b, pq) ← PartialQueue.insert pq r (u32 (index + i));
        if negb b && PartialQueue.is_full pq then Ok (false, pq)
        else byte_loop n (i + 1) pq index wanted
  end.

Definition search_linear_byte := byte_loop 8 0.

(** [*source & *local] at a byte position. *)
Definition wanted_byte (bf : Bitfield.Bitfield) (local : Z) : res Z :=
  a ← Bitfield.byte_at bf (8 * local);
  b ← Bitfield.byte_at untouched (8 * local);
  Ok (Z.land a b).

Fixpoint range_loop (fuel : nat) (bf : Bitfield.Bitfield) (pq : PartialQueue.PartialQueue)
    (local wanted last : Z) : res (bool * PartialQueue.PartialQueue) :=
  match fuel with
  | O => UB
  | S fuel =>
      if Bitfield.position (local + 1) <? last then
        '(b, pq) ← (if wanted =? 0 then Ok (true, pq)
                    else search_linear_byte pq (Bitfield.position local) wanted);
        if negb b then Ok (false, pq)
        else
          wanted ← wanted_byte bf (local + 1);
          range_loop fuel bf pq (local + 1) wanted last
      else
        let wanted := Z.land wanted (Bitfield.mask_before (u32 (last - Bitfield.position local))) in
        if wanted =? 0 then Ok (true, pq)
        else search_linear_byte pq (Bitfield.position local) wanted
  end.

Definition search_linear_range (bf : Bitfield.Bitfield) (pq : PartialQueue.PartialQueue)
    (first last : Z) : res (bool * PartialQueue.PartialQueue) :=
  _ ← throw_when ((last <=? first) || (Bitfield.size_bits untouched <? last)) internal_error;
  w ← wanted_byte bf (first / 8);
  range_loop (Z.to_nat (last / 8 + 2)) bf pq (first / 8)
    (Z.land w (Bitfield.mask_from (first mod 8))) last.

(** From [ranges->find(first)] on, while the ranges begin before [last]. *)
Fixpoint linear_loop (bf : Bitfield.Bitfield) (pq : PartialQueue.PartialQueue)
    (l : Ranges.ranges) (first last : Z) : res (bool * PartialQueue.PartialQueue) :=
  match l with
  | [] => Ok (true, pq)
  | itr :: l =>
      if itr.1 <? last then
        '(b, pq) ← search_linear_range bf pq (Z.max first itr.1) (Z.min last itr.2);
        if negb b then Ok (false, pq) else linear_loop bf pq l first last
      else Ok (true, pq)
  end.

Definition search_linear (bf : Bitfield.Bitfield) (pq : PartialQueue.PartialQueue)
    (l : Ranges.ranges) (first last : Z) : res (bool * PartialQueue.PartialQueue) :=
  linear_loop bf pq (Ranges.find first l) first last.

(** [search(position, size) && search(0, position)] *)
Definition search_around (bf : Bitfield.Bitfield) (pq : PartialQueue.PartialQueue)
    (l : Ranges.ranges) (position : Z) : res PartialQueue.PartialQueue :=
  '(b, pq) ← search_linear bf pq l position (Bitfield.size_bits untouched);
  if negb b then Ok pq
  else '(_, pq) ← search_linear bf pq l 0 position; Ok pq.

(** [while (queue->prepare_pop())] over the cached candidates. *)
Fixpoint cached_loop (fuel : nat) (pq : PartialQueue.PartialQueue)
    : res (option Z * PartialQueue.PartialQueue) :=
  match fuel with
  | O => UB
  | S fuel =>
      '(b, pq) ← PartialQueue.prepare_pop pq;
      if negb b then Ok (None, pq)
      else
        '(pos, pq) ← PartialQueue.pop pq;
        g ← Bitfield.get untouched pos;
        if negb g then cached_loop fuel pq else Ok (Some pos, pq)
  end.

End Scan.

(** ** Selection

    [r1] and [r2] are the values of the two calls of [random()].  The queue is
    the shared one for a seeder and the peer's own otherwise. *)

Definition search_queue (s : ChunkSelector) (pc : PeerChunks) (queue : PartialQueue.PartialQueue)
    : res (Z * PartialQueue.PartialQueue) :=
  let search := search_around (m_statistics s) (untouched_bitfield s) (m_bitfield pc) in
  queue ← search (PartialQueue.clear queue) (high_priority s) (m_position s);
  '(b, queue) ← PartialQueue.prepare_pop queue;
  '(b, queue) ←
    (if b : bool then Ok (true, queue)
     else
       queue ← search (PartialQueue.clear queue) (normal_priority s) (m_position s);
       PartialQueue.prepare_pop queue);
  if negb b then Ok (invalid_chunk, queue)
  else
    '(pos, queue) ← PartialQueue.pop queue;
    g ← Bitfield.get (untouched_bitfield s) pos;
    _ ← throw_when (negb g) internal_error;
    Ok (pos, queue).

Definition find (r1 r2 : Z) (s : ChunkSelector) (pc : PeerChunks)
    : res (Z * ChunkSelector * PeerChunks) :=
  if m_position s =? invalid_chunk then Ok (invalid_chunk, s, pc)
  else
    let shared := is_seeder pc in
    let queue := if shared then m_sharedQueue s else m_downloadCache pc in
    let jump := Z.land r1 63 =? 0 in
    let s := if jump then with_position s (r2 mod size s) else s in
    let queue := if jump then PartialQueue.clear queue else queue in
    let finish pos queue :=
      if shared then Ok (pos, with_queue s queue, pc) else Ok (pos, s, with_cache pc queue) in
    if PartialQueue.is_enabled queue then
      '(cached, queue) ← cached_loop (untouched_bitfield s)
                           (Z.to_nat (PartialQueue.max_size queue) + 1) queue;
      match cached with
      | Some pos => finish pos queue
      | None => '(pos, queue) ← search_queue s pc queue; finish pos queue
      end
    else
      queue ← PartialQueue.enable queue 8;
      '(pos, queue) ← search_queue s pc queue;
      finish pos queue.

(** ** The scan visits the candidates in order *)

(** Offer the chunks of [l] to the queue until it is full. *)
Fixpoint visit (cs : ChunkStatistics.ChunkStatistics) (l : list Z) (pq : PartialQueue.PartialQueue)
    : res (bool * PartialQueue.PartialQueue) :=
  match l with
  | [] => Ok (true, pq)
  | i :: l =>
      r ← ChunkStatistics.rarity cs i;
      '(b, pq) ← PartialQueue.insert pq r i;
      if negb b && PartialQueue.is_full pq then Ok (false, pq) else visit cs l pq
  end.

Lemma visit_app cs a b pq : visit cs (a ++ b) pq =
  ('(c, pq) ← visit cs a pq; if c : bool then visit cs b pq else Ok (false, pq)).
Proof.
  revert pq. induction a as [|i a IH]; intros pq; [done|]. cbn [app visit].
  destruct (ChunkStatistics.rarity cs i) as [r|e|]; res_simpl; try done.
  destruct (PartialQueue.insert pq r i) as [[c q]|e|]; res_simpl; try done.
  destruct (negb c && PartialQueue.is_full q); [done|]. apply IH.
Qed.

(** The chunks from [a] below [b] that satisfy [p]. *)
Definition select (p : Z -> bool) (a b : Z) : list Z := List.filter p (zrange a (Z.to_nat (b - a))).

Lemma select_app p a b c : a <= b <= c -> select p a c = select p a b ++ select p b c.
Proof.
  intros H. unfold select. rewrite <- List.filter_app. f_equal. unfold zrange.
  replace (Z.to_nat (c - a)) with (Z.to_nat (b - a) + Z.to_nat (c - b))%nat by lia.
  rewrite seq_app, fmap_app. f_equal. rewrite Nat.add_0_l.
  replace (seq (Z.to_nat (b - a)) (Z.to_nat (c - b)))
    with ((fun i => Z.to_nat (b - a) + i)%nat <$> seq 0 (Z.to_nat (c - b)))
    by (rewrite fmap_add_seq; f_equal; lia).
  rewrite <- list_fmap_compose. apply list_fmap_ext. intros k i _. simpl. lia.
Qed.

Lemma select_ext p q a b : (forall i, a <= i < b -> p i = q i) -> select p a b = select q a b.
Proof.
  intros H. unfold select. apply List.filter_ext_in. intros i Hi. apply list_elem_of_In in Hi.
  apply elem_of_zrange in Hi. apply H. lia.
Qed.

Lemma select_empty p a b : b <= a -> select p a b = [].
Proof. intros H. unfold select. by replace (Z.to_nat (b - a)) with 0%nat by lia. Qed.

Lemma select_one p a b : a < b -> select p a b = (if p a then [a] else []) ++ select p (a + 1) b.
Proof.
  intros H. rewrite (select_app p a (a + 1) b) by lia. f_equal. unfold select.
  replace (Z.to_nat (a + 1 - a)) with 1%nat by lia. unfold zrange. simpl.
  rewrite Z.add_0_r. by destruct (p a).
Qed.

Lemma elem_of_select i p a b : i ∈ select p a b <-> a <= i < b /\ p i = true.
Proof.
  unfold select. rewrite list_elem_of_In, List.filter_In, <- list_elem_of_In, elem_of_zrange.
  split; intros [? ?]; (split; [lia|done]).
Qed.

Lemma mask_at_pow i : 0 <= i < 8 -> Bitfield.mask_at i = 2 ^ (7 - i).
Proof.
  intros Hi. unfold Bitfield.mask_at. rewrite Z.shiftl_1_l. apply u8_small.
  split; [apply Z.pow_nonneg; lia|apply Z.pow_lt_mono_r; lia].
Qed.

Lemma byte_loop_visit cs n i pq index wanted : 0 <= i -> i + Z.of_nat n = 8 ->
  0 <= index -> index + 8 <= 2 ^ 32 ->
  byte_loop cs n i pq index wanted =
  visit cs (select (fun j => Z.testbit wanted (7 - (j - index))) (index + i) (index + 8)) pq.
Proof.
  revert i pq. induction n as [|n IH]; intros i pq Hi Hn H0 H32.
  - by rewrite select_empty by lia.
  - cbn [byte_loop]. rewrite select_one by lia. rewrite mask_at_pow by lia.
    replace (index + i - index) with i by lia.
    pose proof (land_pow2 wanted (7 - i) ltac:(lia)) as Hb.
    replace (index + i + 1) with (index + (i + 1)) by lia.
    destruct (Z.testbit wanted (7 - i)).
    + apply negb_true_iff in Hb. rewrite Hb. cbn [app visit]. rewrite u32_small by lia.
      destruct (ChunkStatistics.rarity cs (index + i)) as [r|e|]; res_simpl; try done.
      destruct (PartialQueue.insert pq r (index + i)) as [[c q]|e|]; res_simpl; try done.
      destruct (negb c && PartialQueue.is_full q); [done|]. apply IH; lia.
    + apply negb_false_iff in Hb. rewrite Hb. cbn [app]. apply IH; lia.
Qed.

Lemma byte_visit cs pq index wanted : 0 <= index -> index + 8 <= 2 ^ 32 ->
  search_linear_byte cs pq index wanted =
  visit cs (select (fun j => Z.testbit wanted (7 - (j - index))) index (index + 8)) pq.
Proof.
  intros H0 H32. unfold search_linear_byte. rewrite byte_loop_visit by lia. by rewrite Z.add_0_r.
Qed.

(** A byte of a bitfield holds the bits of its eight chunks. *)
Lemma byte_at_bits n bf local : Bitfield.ready n bf -> 0 <= local -> 8 * local < n ->
  exists b, Bitfield.byte_at bf (8 * local) = Ok b /\
    forall k, 0 <= k < 8 -> 8 * local + k < n ->
      Bitfield.bit bf (8 * local + k) = Z.testbit b (7 - k).
Proof.
  intros Hr H0 Hl. pose proof (Bitfield.get_bit n bf (8 * local) Hr ltac:(lia)) as Hg.
  unfold Bitfield.get in Hg. apply bind_ok in Hg as (b & Hb & _). exists b. split; [done|].
  intros k Hk Hkn. pose proof (Bitfield.get_bit n bf (8 * local + k) Hr ltac:(lia)) as Hg.
  unfold Bitfield.get in Hg. unfold Bitfield.byte_at in Hb, Hg.
  replace ((8 * local + k) / 8) with (8 * local / 8) in Hg
    by (rewrite (Z.mul_comm 8 local), Z.div_mul, Z.div_add_l, (Z.div_small k 8) by lia; lia).
  rewrite Hb in Hg. res_simpl. injection Hg as <-.
  replace ((8 * local + k) mod 8) with k
    by (rewrite (Z.mul_comm 8 local), Z.add_comm, Z.mod_add, Z.mod_small by lia; lia).
  rewrite mask_at_pow by lia. by rewrite land_pow2 by lia.
Qed.

Section ScanSpec.
Variable cs : ChunkStatistics.ChunkStatistics.
Variable n : Z.
Variables (bf untouched : Bitfield.Bitfield).
Hypothesis Hbf : Bitfield.ready n bf.
Hypothesis Hun : Bitfield.ready n untouched.

Definition candidate (i : Z) : bool := Bitfield.bit bf i && Bitfield.bit untouched i.

Lemma ready_small : n <= 2 ^ 32 - 8.
Proof. destruct Hun as ([[Hs _] _] & _ & <-). lia. Qed.

Lemma wanted_byte_spec local : 0 <= local -> 8 * local < n ->
  exists w, wanted_byte untouched bf local = Ok w /\
    forall k, 0 <= k < 8 -> 8 * local + k < n -> Z.testbit w (7 - k) = candidate (8 * local + k).
Proof.
  intros H0 Hl. destruct (byte_at_bits n bf local Hbf H0 Hl) as (a & Ha & Hab).
  destruct (byte_at_bits n untouched local Hun H0 Hl) as (b & Hb & Hbb).
  unfold wanted_byte. rewrite Ha. res_simpl. rewrite Hb. res_simpl. eexists. split; [reflexivity|].
  intros k Hk Hkn. rewrite Z.land_spec. unfold candidate. by rewrite Hab, Hbb.
Qed.

Lemma position_small local : 0 <= local -> 8 * local < 2 ^ 32 -> Bitfield.position local = 8 * local.
Proof. intros H0 Hl. unfold Bitfield.position. rewrite u32_small; lia. Qed.

(** Visiting a byte whose bits stand for [p] on [[8 * local, last)). *)
Lemma visit_byte p local w last pq : 0 <= local -> 8 * local < n -> last <= 8 * local + 8 ->
  (forall k, 0 <= k < 8 -> Z.testbit w (7 - k) = p (8 * local + k) && (8 * local + k <? last)) ->
  (if w =? 0 then Ok (true, pq) else search_linear_byte cs pq (Bitfield.position local) w) =
  visit cs (select p (8 * local) last) pq.
Proof.
  intros H0 Hl Hlast Hw. pose proof ready_small.
  destruct (Z.le_gt_cases last (8 * local)) as [Hle|Hgt].
  { rewrite select_empty by done. destruct (Z.eqb_spec w 0); [done|].
    rewrite position_small, byte_visit by lia. replace (select _ _ _) with (@nil Z); [done|].
    symmetry. apply elem_of_nil_inv. intros j Hj. apply elem_of_select in Hj as [Hj Ht].
    rewrite <- (Z.add_simpl_l (8 * local) (j - 8 * local)) in Ht.
    replace (8 * local + (j - 8 * local) - 8 * local) with (j - 8 * local) in Ht by lia.
    rewrite Hw in Ht by lia. apply andb_true_iff in Ht as [_ Ht]. bool_prop. lia. }
  assert (Hsel : select p (8 * local) last =
    select (fun j => Z.testbit w (7 - (j - 8 * local))) (8 * local) (8 * local + 8)).
  { rewrite (select_app _ (8 * local) last (8 * local + 8)) by lia.
    rewrite <- (app_nil_r (select p _ _)). f_equal.
    - apply select_ext. intros i Hi. rewrite (Hw (i - 8 * local)) by lia.
      replace (8 * local + (i - 8 * local)) with i by lia.
      by rewrite (proj2 (Z.ltb_lt i last)), andb_true_r by lia.
    - symmetry. apply elem_of_nil_inv. intros j Hj. apply elem_of_select in Hj as [Hj Ht].
      rewrite Hw in Ht by lia. apply andb_true_iff in Ht as [_ Ht]. bool_prop. lia. }
  rewrite Hsel. destruct (Z.eqb_spec w 0) as [->|Hne].
  - replace (select _ _ _) with (@nil Z); [done|]. symmetry. apply elem_of_nil_inv.
    intros j Hj. apply elem_of_select in Hj as [_ Ht]. by rewrite Z.testbit_0_l in Ht.
  - rewrite position_small by lia. by rewrite byte_visit by lia.
Qed.

Lemma mask_before_bits k idx : 0 < idx <= 8 -> 0 <= k < 8 ->
  Z.testbit (Bitfield.mask_before idx) (7 - k) = (k <? idx).
Proof.
  intros Hi Hk. unfold Bitfield.mask_before, u8. rewrite Z.mod_pow2_bits_low by lia.
  rewrite Z.shiftl_spec by lia. destruct (k <? idx) eqn:E; bool_prop.
  - change 255 with (Z.ones 8). apply Z.ones_spec_low. lia.
  - apply Z.testbit_neg_r. lia.
Qed.

Lemma mask_from_bits k idx : 0 <= idx < 8 -> 0 <= k < 8 ->
  Z.testbit (Bitfield.mask_from idx) (7 - k) = (idx <=? k).
Proof.
  intros Hi Hk. unfold Bitfield.mask_from. rewrite Z.shiftr_spec by lia. change 255 with (Z.ones 8).
  destruct (idx <=? k) eqn:E; bool_prop.
  - apply Z.ones_spec_low. lia.
  - apply Z.ones_spec_high. lia.
Qed.

Lemma range_loop_visit first last : 0 <= first -> last <= n ->
  forall fuel pq local w, 0 <= local -> 8 * local < last -> first / 8 <= local ->
  last < 8 * (local + Z.of_nat fuel) ->
  (forall k, 0 <= k < 8 -> 8 * local + k < n ->
     Z.testbit w (7 - k) = candidate (8 * local + k) && (first <=? 8 * local + k)) ->
  range_loop cs untouched fuel bf pq local w last =
  visit cs (select (fun i => candidate i && (first <=? i)) (8 * local) last) pq.
Proof.
  intros H0 Hn. pose proof ready_small as H32.
  induction fuel as [|fuel IH]; intros pq local w Hl Hlast Hf8 Hfuel Hw; [lia|].
  cbn [range_loop]. rewrite (position_small (local + 1)) by lia.
  destruct (Z.ltb_spec (8 * (local + 1)) last) as [Hlt|Hge].
  - rewrite (visit_byte (fun i => candidate i && (first <=? i)) local w (8 * local + 8) pq);
      [|lia|lia|lia|].
    2: { intros k Hk. rewrite Hw by lia. by rewrite (proj2 (Z.ltb_lt (8 * local + k) (8 * local + 8))), andb_true_r by lia. }
    rewrite (select_app _ (8 * local) (8 * local + 8) last) by lia. rewrite visit_app.
    destruct (visit cs (select _ (8 * local) (8 * local + 8)) pq) as [[b q]|e|]; res_simpl; try done.
    destruct b; cbn [negb]; [|done].
    destruct (wanted_byte_spec (local + 1)) as (w' & -> & Hw'); [lia|lia|]. res_simpl.
    rewrite IH; [by replace (8 * (local + 1)) with (8 * local + 8) by lia|lia|lia|lia|lia|].
    intros k Hk Hkn. rewrite Hw' by done. rewrite (proj2 (Z.leb_le first _)), andb_true_r; [done|].
    pose proof (Z.div_mod first 8 ltac:(lia)). pose proof (Z.mod_pos_bound first 8 ltac:(lia)). lia.
  - replace (u32 (last - Bitfield.position local)) with (last - 8 * local)
      by (rewrite (position_small local) by lia; rewrite u32_small; lia).
    apply (visit_byte (fun i => candidate i && (first <=? i)) local); [lia|lia|lia|].
    intros k Hk. rewrite Z.land_spec, mask_before_bits by lia.
    replace (8 * local + k <? last) with (k <? last - 8 * local)
      by (destruct (Z.ltb_spec k (last - 8 * local)), (Z.ltb_spec (8 * local + k) last); (done || lia)).
    destruct (Z.ltb_spec k (last - 8 * local)); [|by rewrite !andb_false_r].
    rewrite Hw by lia. done.
Qed.

Lemma search_linear_range_visit pq first last : 0 <= first < last -> last <= n ->
  search_linear_range cs untouched bf pq first last = visit cs (select candidate first last) pq.
Proof.
  intros H0 Hn. pose proof ready_small as H32. unfold search_linear_range.
  assert (Bitfield.size_bits untouched = n) as -> by apply Hun.
  rewrite (proj2 (Z.leb_gt last first)), (proj2 (Z.ltb_ge n last)) by lia. cbn [orb]. res_simpl.
  pose proof (Z.div_mod first 8 ltac:(lia)). pose proof (Z.mod_pos_bound first 8 ltac:(lia)).
  assert (0 <= first / 8) by (apply Z.div_pos; lia).
  destruct (wanted_byte_spec (first / 8)) as (w & -> & Hw); [lia|lia|]. res_simpl.
  assert (last / 8 * 8 + 8 > last) by (pose proof (Z.div_mod last 8 ltac:(lia));
    pose proof (Z.mod_pos_bound last 8 ltac:(lia)); lia).
  rewrite (range_loop_visit first last); [|lia|lia|lia|lia|lia| |].
  - rewrite (select_app _ (8 * (first / 8)) first last) by lia.
    replace (select _ (8 * (first / 8)) first) with (@nil Z); [cbn [app]|].
    + f_equal. apply select_ext. intros i Hi. by rewrite (proj2 (Z.leb_le first i)), andb_true_r by lia.
    + symmetry. apply elem_of_nil_inv. intros j Hj. apply elem_of_select in Hj as [Hj Ht].
      apply andb_true_iff in Ht as [_ Ht]. bool_prop. lia.
  - assert (0 <= last / 8) by (apply Z.div_pos; lia). rewrite Z2Nat.id by lia. lia.
  - intros k Hk Hkn. rewrite Z.land_spec, Hw, mask_from_bits by lia. f_equal.
    destruct (Z.leb_spec (first mod 8) k), (Z.leb_spec first (8 * (first / 8) + k)); (done || lia).
Qed.

(** The chunks a search offers. *)
Definition offered (l : Ranges.ranges) (first last i : Z) : Prop :=
  first <= i < last /\ Ranges.mem i l /\ candidate i = true.

Definition ranges_within (l : Ranges.ranges) : Prop :=
  Ranges.canon l /\ forall i, Ranges.mem i l -> i < n.

Lemma range_bound lo l r : Ranges.canon_from lo (r :: l) -> (forall i, Ranges.mem i (r :: l) -> i < n) -> r.2 <= n.
Proof. intros (_ & H1 & _) Hm. specialize (Hm (r.2 - 1)). simpl in Hm. lia. Qed.

(** The candidates in the order of the scan. *)
Fixpoint cands (l : Ranges.ranges) (first last : Z) : list Z :=
  match l with
  | [] => []
  | r :: l =>
      if r.1 <? last then select candidate (Z.max first r.1) (Z.min last r.2) ++ cands l first last
      else []
  end.

Lemma linear_loop_visit l : forall lo first last pq, Ranges.canon_from lo l ->
  (forall i, Ranges.mem i l -> i < n) -> 0 <= first -> first < last -> last <= n ->
  match l with [] => True | f :: _ => first < f.2 end ->
  linear_loop cs untouched bf pq l first last = visit cs (cands l first last) pq.
Proof.
  induction l as [|r l IH]; intros lo first last pq Hc Hm H0 Hfl Hn Hf; [done|].
  pose proof (range_bound lo l r Hc Hm) as Hr2. destruct Hc as (H1 & H2 & Hc). cbn [linear_loop cands].
  destruct (Z.ltb_spec r.1 last) as [Hlt|Hge]; [|done].
  rewrite search_linear_range_visit by lia. rewrite visit_app.
  destruct (visit cs _ pq) as [[b q]|e|]; res_simpl; try done. destruct b; cbn [negb]; [|done].
  apply (IH r.2); try done; [intros i Hi; apply Hm; by right|].
  destruct l as [|f l]; [done|]. destruct Hc as (? & ? & _). lia.
Qed.

Lemma elem_of_cands l lo first last i : Ranges.canon_from lo l ->
  i ∈ cands l first last <-> offered l first last i.
Proof.
  unfold offered. revert lo. induction l as [|r l IH]; intros lo Hc; cbn [cands Ranges.mem].
  { split; [by intros ?%elem_of_nil|intros (_ & [] & _)]. }
  destruct Hc as (H1 & H2 & Hc). destruct (Z.ltb_spec r.1 last) as [Hlt|Hge].
  - rewrite elem_of_app, elem_of_select, (IH r.2 Hc). split.
    + intros [[? ?]|(? & ? & ?)]; (split; [lia|]); (split; [|done]); [left; lia|by right].
    + intros (? & [?|?] & ?); [left; split; [lia|done]|right; done].
  - split; [by intros ?%elem_of_nil|]. intros (? & [?|Hm] & _); [lia|].
    pose proof (Ranges.mem_lower _ _ _ Hc Hm). lia.
Qed.

Lemma search_linear_visit l first last : ranges_within l -> 0 <= first -> last <= n ->
  (first < last \/ last <= 0) ->
  exists c, (forall pq, search_linear cs untouched bf pq l first last = visit cs c pq) /\
    forall i, i ∈ c <-> offered l first last i.
Proof.
  intros [Hc Hm] H0 Hn Hfl. destruct (Ranges.find_spec first l (-1) Hc) as (F1 & F2 & F3 & F4).
  destruct (Z.lt_ge_cases first last) as [Hlt|Hge].
  - exists (cands (Ranges.find first l) first last). split.
    + intros q. unfold search_linear. apply (linear_loop_visit _ (-1)); try done.
      intros i Hi. by apply Hm, F2.
    + intros i. rewrite (elem_of_cands _ (-1)) by done. unfold offered.
      split; intros (? & ? & ?); (split; [done|]); (split; [|done]); [by apply F2|apply F3; [lia|done]].
  - exists []. split.
    + intros q. unfold search_linear. destruct (Ranges.find first l) as [|f k]; [done|]. cbn [linear_loop].
      destruct F1 as (? & _). by rewrite (proj2 (Z.ltb_ge f.1 last)) by lia.
    + intros i. split; [by intros ?%elem_of_nil|]. intros (? & _). lia.
Qed.

(** Both halves of a search: every candidate in the ranges is offered. *)
Lemma search_around_visit l position pq : ranges_within l -> 0 <= position < n ->
  exists c, (forall i, i ∈ c -> Ranges.mem i l /\ candidate i = true /\ 0 <= i < n) /\
    (forall i, 0 <= i < n -> Ranges.mem i l -> candidate i = true -> i ∈ c) /\
    search_around cs untouched bf pq l position =
      ('(_, q) ← visit cs c pq; Ok q).
Proof.
  intros Hl Hp. assert (Hs : Bitfield.size_bits untouched = n) by apply Hun.
  destruct (search_linear_visit l position n Hl) as (c1 & Hv1 & Hi1); [lia|lia|lia|].
  destruct (search_linear_visit l 0 position Hl) as (c2 & Hv2 & Hi2); [lia|lia|lia|].
  exists (c1 ++ c2). split; [|split].
  - intros i Hi. apply elem_of_app in Hi as [Hi|Hi]; [apply Hi1 in Hi|apply Hi2 in Hi];
      destruct Hi as (? & ? & ?); (split; [done|]); (split; [done|lia]).
  - intros i Hi Hm Hc. apply elem_of_app. destruct (Z.lt_ge_cases i position);
      [right; apply Hi2|left; apply Hi1]; (split; [lia|done]).
  - unfold search_around. rewrite Hs, Hv1, visit_app.
    destruct (visit cs c1 pq) as [[b q]|e|]; res_simpl; try done. destruct b; cbn [negb]; [|done].
    rewrite Hv2. by destruct (visit cs c2 q) as [[b' q']|e|].
Qed.

End ScanSpec.

(** ** The queue as the selector uses it *)

(** [v] was accepted by the queue. *)
Definition queued (H : list (list Z)) (v : Z) : Prop :=
  exists (j : nat) h, H !! j = Some h /\ v ∈ h.

(** The queue represents some history, and what it holds satisfies [Q]. *)
Definition queue_ok (Q : Z -> Prop) (q : PartialQueue.PartialQueue) : Prop :=
  exists max H P, PartialQueue.rep q max H P /\ forall v, queued H v -> Q v.

Lemma queued_insert H j h v x : H !! j = Some h -> queued (<[j := h ++ [v]]> H) x <-> queued H x \/ x = v.
Proof.
  intros Hj. assert (Hlt : (j < length H)%nat) by (by apply lookup_lt_Some in Hj). split.
  - intros (i & h' & Hi & Hx). destruct (decide (i = j)) as [->|Hne].
    + rewrite list_lookup_insert_eq in Hi by done. simplify_eq.
      apply elem_of_app in Hx as [Hx|Hx]; [left; by exists j, h|].
      right. by apply list_elem_of_singleton in Hx.
    + rewrite list_lookup_insert_ne in Hi by done. left. by exists i, h'.
  - intros [(i & h' & Hi & Hx)| ->].
    + destruct (decide (i = j)) as [->|Hne].
      * simplify_eq. exists j, (h ++ [v]). rewrite list_lookup_insert_eq by done.
        split; [done|]. apply elem_of_app. by left.
      * exists i, h'. by rewrite list_lookup_insert_ne by done.
    + exists j, (h ++ [v]). rewrite list_lookup_insert_eq by done. split; [done|].
      apply elem_of_app. right. by apply list_elem_of_singleton.
Qed.

Lemma queued_none v : ~ queued (replicate 8 []) v.
Proof. intros (j & h & Hj & Hv). apply lookup_replicate in Hj as [-> _]. by apply elem_of_nil in Hv. Qed.

Lemma clear_keeps_rep q max H P : PartialQueue.rep q max H P ->
  PartialQueue.rep (PartialQueue.clear q) max (replicate 8 []) (replicate 8 0).
Proof.
  intros Hr. pose proof (PartialQueue.rep_max_range _ _ _ _ Hr) as [Hm0 Hm1].
  pose proof (PartialQueue.rep_max _ _ _ _ Hr) as Hm.
  destruct (PartialQueue.rep_data _ _ _ _ Hr) as (d & Hd & Hl & _).
  destruct (PartialQueue.clear_rep q max Hm0 Hm1) as (q' & He & Hr').
  unfold PartialQueue.enable in He. rewrite (proj2 (Z.eqb_neq max 0)) in He by lia. res_simpl.
  injection He as <-. unfold PartialQueue.clear in *. cbn [PartialQueue.m_data] in Hr'. rewrite Hd, Hm.
  cbn [PartialQueue.m_max_layer_size] in *. destruct Hr' as [? ? ? ? ? ? Hdat ? ? ?].
  split; try done. exists d. split; [done|]. split; [done|].
  intros j i h v Hh Hi. apply lookup_replicate in Hh as [-> _]. done.
Qed.

(** A full layer holds something. *)
Lemma full_layer_queued q max H P j h : PartialQueue.rep q max H P -> H !! j = Some h ->
  zlen h = max -> exists v, queued H v.
Proof.
  intros Hr Hj Hl. destruct (PartialQueue.rep_max_range _ _ _ _ Hr) as [Hm _].
  destruct h as [|v h]; [unfold zlen in Hl; simpl in Hl; lia|]. exists v, j, (v :: h).
  split; [done|]. by left.
Qed.

(** A queue that refuses a key below 255 holds something. *)
Lemma refused_queued q max H P key : PartialQueue.rep q max H P ->
  PartialQueue.m_ceiling q <= key -> key < 255 -> exists v, queued H v.
Proof.
  intros Hr Hc Hk. destruct (PartialQueue.rep_ceiling _ _ _ _ Hr) as (k & Hk8 & E & _ & Hf).
  destruct (decide (k < 8)%nat) as [Hlt|Hge].
  - destruct (Hf Hlt) as (h & Hh & Hl). by apply (full_layer_queued q max H P k h).
  - assert (k = 8%nat) as -> by lia. rewrite E in Hc. simpl in Hc. lia.
Qed.

Section Visit.
Variable cs : ChunkStatistics.ChunkStatistics.

Definition rarity_ok (i : Z) : Prop := exists r, ChunkStatistics.rarity cs i = Ok r /\ 0 <= r < 2 ^ 8.
Definition rarity_below (i : Z) : Prop := exists r, ChunkStatistics.rarity cs i = Ok r /\ r < 255.

Lemma visit_rep c : Forall rarity_ok c -> forall q max H P, PartialQueue.rep q max H P ->
  exists b q' H', visit cs c q = Ok (b, q') /\ PartialQueue.rep q' max H' P /\
    (forall v, queued H' v -> queued H v \/ v ∈ c) /\
    (forall v, queued H v -> queued H' v) /\
    (forall i, i ∈ c -> rarity_below i -> exists v, queued H' v).
Proof.
  induction 1 as [|i c (r & Hr & Hr8) _ IH]; intros q max H P Hrep.
  { exists true, q, H. split; [done|]. split; [done|]. split; [by left|]. split; [done|].
    by intros i ?%elem_of_nil. }
  cbn [visit]. rewrite Hr. res_simpl.
  destruct (PartialQueue.insert_rep q max H P r i Hrep Hr8) as [(Hlt & q1 & h & Hi & Hh & Hrep1)|[Hge Hi]];
    rewrite Hi; res_simpl; cbn [negb andb].
  - destruct (IH q1 max _ P Hrep1) as (b & q' & H' & Hv & Hr' & Hsub & Hmon & Hne).
    exists b, q', H'. split; [done|]. split; [done|].
    assert (Hmon' : forall v, queued H v \/ v = i -> queued H' v)
      by (intros v Hq; apply Hmon; by apply (queued_insert H _ h)).
    split; [|split].
    + intros v Hq. destruct (Hsub v Hq) as [Hq1|Hq1]; [|right; by right].
      apply (queued_insert H _ h) in Hq1; [|done]. destruct Hq1 as [?| ->]; [by left|right; by left].
    + intros v Hq. apply Hmon'. by left.
    + intros j Hj _. exists i. apply Hmon'. by right.
  - destruct (PartialQueue.is_full q) eqn:Ef.
    + exists false, q, H. split; [done|]. split; [done|]. split; [by left|]. split; [done|].
      intros j _ _. unfold PartialQueue.is_full in Ef. bool_prop.
      apply (refused_queued q max H P 0 Hrep); lia.
    + destruct (IH q max H P Hrep) as (b & q' & H' & Hv & Hr' & Hsub & Hmon & Hne).
      exists b, q', H'. split; [done|]. split; [done|]. split; [|split].
      * intros v Hq. destruct (Hsub v Hq) as [?|?]; [by left|right; by right].
      * done.
      * intros j Hj (r' & Er & Hlt). apply elem_of_cons in Hj as [->|Hj].
        -- rewrite Hr in Er. injection Er as <-.
           destruct (refused_queued q max H P r Hrep Hge Hlt) as [v Hq]. exists v. by apply Hmon.
        -- apply (Hne j Hj). by exists r'.
Qed.

End Visit.

(** After a fresh fill, [prepare_pop] succeeds exactly when something was accepted. *)
Lemma prepare_pop_fresh q max H : PartialQueue.rep q max H (replicate 8 0) ->
  exists b q', PartialQueue.prepare_pop q = Ok (b, q') /\
    PartialQueue.rep q' max H (replicate 8 0) /\
    if b : bool then exists v q'', PartialQueue.pop q' = Ok (v, q'') /\ queued H v /\
       exists P, PartialQueue.rep q'' max H P
    else forall v, ~ queued H v.
Proof.
  intros Hr. pose proof (PartialQueue.rep_index _ _ _ _ Hr) as Hi.
  destruct (PartialQueue.prepare_pop_loop_spec 9 q max H _ Hr ltac:(lia))
    as (b & q' & Hp & Hr' & h & p & Hh & Hpp & Hb).
  exists b, q'. split; [done|]. split; [done|]. pose proof Hpp as Hp0.
  apply lookup_replicate in Hp0 as [-> _]. destruct b.
  - destruct (PartialQueue.pop_rep q' max H _ h 0 Hr' Hh Hpp Hb) as (v & q'' & Hpop & Hv & Hr'').
    exists v, q''. split; [done|]. split; [|by eexists]. eexists _, h. split; [done|].
    by apply list_elem_of_lookup_2 in Hv.
  - destruct Hb as [Hz Hb]. destruct (PartialQueue.rep_max_range _ _ _ _ Hr') as [Hm _].
    assert (H7 : PartialQueue.m_index q' = 7) by lia.
    intros v (j & h' & Hj & Hv). pose proof (PartialQueue.rep_H _ _ _ _ Hr') as H8.
    pose proof (lookup_lt_Some _ _ _ Hj).
    assert (Hpj : replicate 8 0 !! j = Some 0) by (apply lookup_replicate; lia).
    assert (zlen h' = 0) as Hz'.
    { destruct (decide (j = 7)%nat) as [->|Hne].
      - rewrite H7 in Hh. change (Z.to_nat 7) with 7%nat in Hh. simplify_eq. lia.
      - destruct (PartialQueue.rep_drained _ _ _ _ Hr' j h' 0 ltac:(lia) Hj Hpj). lia. }
    destruct h'; [by apply elem_of_nil in Hv|unfold zlen in Hz'; simpl in Hz'; lia].
Qed.

(** What the queue still has to pop. *)
Definition pending (H : list (list Z)) (P : list Z) : Z :=
  foldr Z.add 0 (zip_with (fun h p => zlen h - p) H P).

Lemma pending_pop H P j h p : H !! j = Some h -> P !! j = Some p ->
  pending H (<[j := p + 1]> P) = pending H P - 1.
Proof.
  unfold pending. revert P j. induction H as [|h0 H IH]; intros [|p0 P] [|j] Hh Hp; simplify_eq/=; [lia|].
  rewrite (IH P j Hh Hp). lia.
Qed.

Lemma pending_bound (max : Z) H P :
  (forall (j : nat) h p, H !! j = Some h -> P !! j = Some p -> 0 <= p <= zlen h /\ zlen h <= max) ->
  0 <= pending H P <= max * Z.of_nat (length H) \/ max < 0.
Proof.
  unfold pending. revert P. induction H as [|h H IH]; intros P Hb; simpl; [lia|].
  destruct P as [|p P]; simpl.
  - destruct (Z.lt_ge_cases max 0); [by right|left]. nia.
  - destruct (Hb 0%nat h p eq_refl eq_refl). destruct (IH P) as [?|?]; [|lia|by right].
    intros j h' p' Hj Hp. by apply (Hb (S j)).
Qed.

Lemma cached_loop_spec n untouched Q fuel : Bitfield.ready n untouched ->
  (forall v, Q v -> 0 <= v < n) -> forall q max H P, PartialQueue.rep q max H P ->
  (forall v, queued H v -> Q v) -> pending H P < Z.of_nat fuel ->
  exists o q' P', cached_loop untouched fuel q = Ok (o, q') /\ PartialQueue.rep q' max H P' /\
    match o with Some pos => Q pos /\ Bitfield.bit untouched pos = true | None => True end.
Proof.
  intros Hun HQ. induction fuel as [|fuel IH]; intros q max H P Hr Hq Hf.
  { pose proof (PartialQueue.rep_bounds _ _ _ _ Hr) as Hb. destruct (pending_bound max H P Hb) as [?|Hneg]; [lia|].
    destruct (PartialQueue.rep_max_range _ _ _ _ Hr). lia. }
  cbn [cached_loop]. pose proof (PartialQueue.rep_index _ _ _ _ Hr) as Hi. unfold PartialQueue.prepare_pop.
  destruct (PartialQueue.prepare_pop_loop_spec 9 q max H P Hr ltac:(lia))
    as (b & q1 & -> & Hr1 & h & p & Hh & Hp & Hb). res_simpl.
  destruct b; cbn [negb]; [|by exists None, q1, P].
  destruct (PartialQueue.pop_rep q1 max H P h p Hr1 Hh Hp Hb) as (v & q2 & -> & Hv & Hr2). res_simpl.
  assert (Hqv : Q v) by (apply Hq; eexists _, h; split; [done|]; by apply list_elem_of_lookup_2 in Hv).
  rewrite (Bitfield.get_bit n) by (done || by apply HQ). res_simpl.
  destruct (Bitfield.bit untouched v) eqn:E; cbn [negb].
  - by exists (Some v), q2, (<[Z.to_nat (PartialQueue.m_index q1) := p + 1]> P).
  - destruct (IH q2 max H _ Hr2 Hq) as (o & q' & P' & Hc & Hr' & Ho).
    { rewrite (pending_pop H P _ h p) by done. lia. }
    by exists o, q', P'.
Qed.

(** ** The invariant of the selector and a peer *)

Record inv (n : Z) (s : ChunkSelector) (pc : PeerChunks) : Prop := {
  inv_untouched : Bitfield.ready n (untouched_bitfield s);
  inv_peer : Bitfield.ready n (m_bitfield pc);
  inv_high : ranges_within n (high_priority s);
  inv_normal : ranges_within n (normal_priority s);
  inv_rarity : forall i, 0 <= i < n -> rarity_ok (m_statistics s) i;
  inv_position : m_position s = invalid_chunk \/ 0 <= m_position s < n;
  inv_shared : queue_ok (fun v => 0 <= v < n) (m_sharedQueue s);
  inv_cache : PartialQueue.is_enabled (m_downloadCache pc) = false \/
    queue_ok (fun v => 0 <= v < n /\ Bitfield.bit (m_bitfield pc) v = true) (m_downloadCache pc)
}.

(** Nobody has started [i] and it is in a priority range. *)
Definition wanted (s : ChunkSelector) (i : Z) : Prop :=
  Bitfield.bit (untouched_bitfield s) i = true /\
  (Ranges.mem i (high_priority s) \/ Ranges.mem i (normal_priority s)).

Lemma search_fill n s pc l q max H P : inv n s pc -> ranges_within n l ->
  0 <= m_position s < n -> PartialQueue.rep q max H P ->
  exists q' H', search_around (m_statistics s) (untouched_bitfield s) (m_bitfield pc)
      (PartialQueue.clear q) l (m_position s) = Ok q' /\
    PartialQueue.rep q' max H' (replicate 8 0) /\
    (forall v, queued H' v -> 0 <= v < n /\ Ranges.mem v l /\
       Bitfield.bit (m_bitfield pc) v = true /\ Bitfield.bit (untouched_bitfield s) v = true) /\
    (forall i, 0 <= i < n -> Ranges.mem i l -> Bitfield.bit (m_bitfield pc) i = true ->
       Bitfield.bit (untouched_bitfield s) i = true -> rarity_below (m_statistics s) i ->
       exists v, queued H' v).
Proof.
  intros Hinv Hl Hp Hr. destruct Hinv as [Hun Hbf _ _ Hra _ _ _].
  destruct (search_around_visit (m_statistics s) n _ _ Hbf Hun l (m_position s) (PartialQueue.clear q) Hl Hp)
    as (c & Hc1 & Hc2 & ->).
  apply clear_keeps_rep in Hr.
  destruct (visit_rep (m_statistics s) c) with (q := PartialQueue.clear q) (max := max)
    (H := @replicate (list Z) 8 []) (P := replicate 8 0) as (b & q' & H' & -> & Hr' & Hsub & _ & Hne); [|done|].
  { apply Forall_forall. intros i Hi. apply Hra. by apply Hc1. }
  res_simpl. exists q', H'. split; [done|]. split; [done|]. split.
  - intros v Hv. destruct (Hsub v Hv) as [Hv'|Hv']; [by apply queued_none in Hv'|].
    apply Hc1 in Hv' as (? & Hcd & ?). unfold candidate in Hcd. bool_prop. done.
  - intros i Hi Hm Hb Hu Hrb. apply (Hne i); [|done]. apply Hc2; [done|done|].
    unfold candidate. by rewrite Hb, Hu.
Qed.

(** The peer has [i], nobody has started it, and few enough peers have it. *)
Definition offers (n : Z) (s : ChunkSelector) (pc : PeerChunks) (i : Z) : Prop :=
  0 <= i < n /\ Bitfield.bit (untouched_bitfield s) i = true /\ Bitfield.bit (m_bitfield pc) i = true /\ rarity_below (m_statistics s) i.

(** What a scan of the ranges may answer: a wanted chunk of the peer, of high
    priority if the peer offers one, or none if the peer offers none. *)
Definition scanned (n : Z) (s : ChunkSelector) (pc : PeerChunks) (pos : Z) : Prop :=
  (pos = invalid_chunk /\ forall i, wanted s i -> ~ offers n s pc i) \/
  (0 <= pos < n /\ wanted s pos /\ Bitfield.bit (m_bitfield pc) pos = true /\
   (Ranges.mem pos (high_priority s) \/ forall i, Ranges.mem i (high_priority s) -> ~ offers n s pc i)).

Lemma search_queue_spec n s pc q max H P : inv n s pc -> 0 <= m_position s < n ->
  PartialQueue.rep q max H P ->
  exists pos q', search_queue s pc q = Ok (pos, q') /\
    queue_ok (fun v => 0 <= v < n /\ Bitfield.bit (m_bitfield pc) v = true) q' /\ scanned n s pc pos.
Proof.
  intros Hinv Hp Hr. pose proof Hinv as [Hun Hbf Hhi Hno Hra _ _ _]. unfold search_queue.
  destruct (search_fill n s pc _ q max H P Hinv Hhi Hp Hr) as (q1 & H1 & -> & Hr1 & Hs1 & Hn1). res_simpl.
  destruct (prepare_pop_fresh q1 max H1 Hr1) as (b1 & q2 & -> & Hr2 & Hb1). res_simpl.
  assert (Hfin : forall q3 H3 v q4, PartialQueue.pop q3 = Ok (v, q4) -> queued H3 v ->
    (exists P, PartialQueue.rep q4 max H3 P) ->
    (forall v, queued H3 v -> 0 <= v < n /\ wanted s v /\ Bitfield.bit (m_bitfield pc) v = true) ->
    exists pos q', ('(pos, queue) ← PartialQueue.pop q3; g ← Bitfield.get (untouched_bitfield s) pos;
       _ ← throw_when (negb g) internal_error; Ok (pos, queue)) = Ok (pos, q') /\
      queue_ok (fun v => 0 <= v < n /\ Bitfield.bit (m_bitfield pc) v = true) q' /\ queued H3 pos).
  { intros q3 H3 v q4 -> Hv [P3 Hr3] Hall. res_simpl. destruct (Hall v Hv) as (Hvn & Hw & Hvb).
    rewrite (Bitfield.get_bit n) by done. res_simpl. rewrite (proj1 Hw). cbn [negb]. res_simpl.
    exists v, q4. split; [done|]. split; [|done]. exists max, H3, P3. split; [done|].
    intros x Hx. destruct (Hall x Hx) as (? & _ & ?). done. }
  destruct b1.
  - destruct Hb1 as (v & q3 & Hpop & Hv & HP). res_simpl. cbn [negb].
    destruct (Hfin q2 H1 v q3 Hpop Hv HP) as (pos & q' & -> & Hok & Hres).
    { intros x Hx. destruct (Hs1 x Hx) as (? & ? & ? & ?). split; [done|]. split; [|done]. split; [done|by left]. }
    exists pos, q'. split; [done|]. split; [done|right]. destruct (Hs1 pos Hres) as (? & ? & ? & ?). unfold wanted. tauto.
  - assert (Hnone : forall i, Ranges.mem i (high_priority s) -> ~ offers n s pc i).
    { intros i Hm (Hi & Hu & Hbit & Hrb). destruct (Hn1 i Hi Hm Hbit Hu Hrb) as [v Hv]. by apply (Hb1 v). }
    destruct (search_fill n s pc _ q2 max H1 _ Hinv Hno Hp Hr2) as (q3 & H3 & -> & Hr3 & Hs3 & Hn3). res_simpl.
    destruct (prepare_pop_fresh q3 max H3 Hr3) as (b2 & q4 & -> & Hr4 & Hb2). res_simpl. destruct b2; cbn [negb].
    + destruct Hb2 as (v & q5 & Hpop & Hv & HP).
      destruct (Hfin q4 H3 v q5 Hpop Hv HP) as (pos & q' & -> & Hok & Hres).
      { intros x Hx. destruct (Hs3 x Hx) as (? & ? & ? & ?). split; [done|]. split; [|done]. split; [done|by right]. }
      exists pos, q'. split; [done|]. split; [done|right]. destruct (Hs3 pos Hres) as (? & ? & ? & ?). unfold wanted. tauto.
    + exists invalid_chunk, q4. split; [done|]. split.
      * exists max, H3, (replicate 8 0). split; [done|]. intros v Hv. by destruct (Hb2 v).
      * left. split; [done|]. intros i [_ [Hm|Hm]]; [by apply Hnone|]. intros (Hi & Hu & Hbit & Hrb).
        destruct (Hn3 i Hi Hm Hbit Hu Hrb) as [v Hv]. by apply (Hb2 v).
Qed.

(** The first candidate left in a queue that nobody has started yet. *)
Definition cached_answer (s : ChunkSelector) (queue : PartialQueue.PartialQueue) : option Z :=
  if PartialQueue.is_enabled queue then
    match cached_loop (untouched_bitfield s) (Z.to_nat (PartialQueue.max_size queue) + 1) queue with Ok (o, _) => o | _ => None end
  else None.

(** What a call of [find] with a queue may answer for a peer: the first
    candidate that an earlier scan left in the queue, whatever the priorities
    have become since then, or else what a scan finds. *)
Definition answer (n : Z) (s : ChunkSelector) (pc : PeerChunks) (queue : PartialQueue.PartialQueue) (pos : Z) : Prop :=
  match cached_answer s queue with
  | Some c => pos = c /\ 0 <= pos < n /\ Bitfield.bit (untouched_bitfield s) pos = true /\ Bitfield.bit (m_bitfield pc) pos = true
  | None => scanned n s pc pos
  end.

(** The body of [find] from the choice of the queue on. *)
Definition find_in_queue (s : ChunkSelector) (pc : PeerChunks) (queue : PartialQueue.PartialQueue)
    : res (Z * PartialQueue.PartialQueue) :=
  if PartialQueue.is_enabled queue then
    '(cached, queue) ← cached_loop (untouched_bitfield s)
                         (Z.to_nat (PartialQueue.max_size queue) + 1) queue;
    match cached with
    | Some pos => Ok (pos, queue)
    | None => search_queue s pc queue
    end
  else queue ← PartialQueue.enable queue 8; search_queue s pc queue.

Lemma find_in_queue_spec n s pc queue : inv n s pc -> 0 <= m_position s < n ->
  PartialQueue.is_enabled queue = false \/
  queue_ok (fun v => 0 <= v < n /\ Bitfield.bit (m_bitfield pc) v = true) queue ->
  exists pos q', find_in_queue s pc queue = Ok (pos, q') /\ answer n s pc queue pos /\
    queue_ok (fun v => 0 <= v < n /\ Bitfield.bit (m_bitfield pc) v = true) q'.
Proof.
  intros Hinv Hp Hq. pose proof Hinv as [Hun Hbf _ _ _ _ _ _]. unfold find_in_queue, answer, cached_answer.
  assert (Hsearch : forall q max H P, PartialQueue.rep q max H P ->
    exists pos q', search_queue s pc q = Ok (pos, q') /\ scanned n s pc pos /\
      queue_ok (fun v => 0 <= v < n /\ Bitfield.bit (m_bitfield pc) v = true) q').
  { intros q max H P Hr. destruct (search_queue_spec n s pc q max H P Hinv Hp Hr) as (pos & q' & Hs & Hok & Hres). by exists pos, q'. }
  destruct (PartialQueue.is_enabled queue) eqn:Een.
  - destruct Hq as [?|(max & H & P & Hr & HQ)]; [done|].
    destruct (PartialQueue.rep_max_range _ _ _ _ Hr) as [Hm0 Hm1]. pose proof (PartialQueue.rep_H _ _ _ _ Hr) as H8.
    destruct (cached_loop_spec n (untouched_bitfield s)
      (fun v => 0 <= v < n /\ Bitfield.bit (m_bitfield pc) v = true)
      (Z.to_nat (PartialQueue.max_size queue) + 1) Hun (fun v Hv => proj1 Hv) queue max H P Hr HQ)
      as (o & q' & P' & -> & Hr' & Ho).
    { unfold PartialQueue.max_size, PartialQueue.num_layers. rewrite (PartialQueue.rep_max _ _ _ _ Hr).
      rewrite u16_small by lia. pose proof (PartialQueue.rep_bounds _ _ _ _ Hr) as Hb.
      destruct (pending_bound max H P Hb) as [?|?]; [rewrite H8 in *|]; lia. }
    res_simpl. destruct o as [pos|].
    + exists pos, q'. split; [done|]. split; [tauto|]. by exists max, H, P'.
    + by apply (Hsearch q' max H P').
  - destruct (PartialQueue.clear_rep queue 8) as (q' & He & Hr); [lia..|]. rewrite He. res_simpl.
    assert (Hcl : search_queue s pc q' = search_queue s pc (PartialQueue.clear q')).
    { unfold search_queue. f_equal. f_equal. unfold PartialQueue.enable in He. simpl in He. simplify_eq. done. }
    rewrite Hcl. by apply (Hsearch _ 8 _ _ Hr).
Qed.

Lemma find_unfold r1 r2 s pc : (m_position s =? invalid_chunk) = false ->
  find r1 r2 s pc =
    let shared := is_seeder pc in
    let queue := if shared then m_sharedQueue s else m_downloadCache pc in
    let jump := Z.land r1 63 =? 0 in
    let s' := if jump then with_position s (r2 mod size s) else s in
    '(pos, queue) ← find_in_queue s' pc (if jump then PartialQueue.clear queue else queue);
    if shared then Ok (pos, with_queue s' queue, pc) else Ok (pos, s', with_cache pc queue).
Proof.
  intros E. unfold find, find_in_queue. rewrite E. cbv zeta.
  set (q := if Z.land r1 63 =? 0 then _ else _). set (s' := if Z.land r1 63 =? 0 then _ else _).
  destruct (PartialQueue.is_enabled q).
  - destruct (cached_loop _ _ q) as [[[pos|] q1]|e|]; res_simpl; try done.
  - destruct (PartialQueue.enable q 8) as [q1|e|]; res_simpl; try done.
Qed.

Lemma queue_ok_clear (Q : Z -> Prop) q : queue_ok Q q -> queue_ok Q (PartialQueue.clear q).
Proof.
  intros (max & H & P & Hr & HQ). exists max. do 2 eexists. split; [by eapply clear_keeps_rep|].
  intros v Hv. by apply queued_none in Hv.
Qed.

Lemma queue_ok_impl (Q R : Z -> Prop) q : (forall v, Q v -> R v) -> queue_ok Q q -> queue_ok R q.
Proof. intros HI (max & H & P & Hr & HQ). exists max, H, P. split; [done|]. intros v Hv. by apply HI, HQ. Qed.

Lemma clear_enabled q : PartialQueue.is_enabled (PartialQueue.clear q) = PartialQueue.is_enabled q.
Proof. by destruct q as [[d|] ? ? ? ?]. Qed.

(** Nothing is left in a queue that was cleared. *)
Lemma cached_clear n s q Q : Bitfield.ready n (untouched_bitfield s) -> (forall v : Z, Q v -> 0 <= v < n) -> queue_ok Q q ->
  cached_answer s (PartialQueue.clear q) = None.
Proof.
  intros Hun HQ (max & H & P & Hr & _). unfold cached_answer. destruct (PartialQueue.is_enabled _); [|done].
  apply clear_keeps_rep in Hr.
  destruct (cached_loop_spec n (untouched_bitfield s) (fun _ => False) (Z.to_nat (PartialQueue.max_size (PartialQueue.clear q)) + 1) Hun
    (fun v (Hv : False) => False_ind _ Hv) _ max _ _ Hr) as (o & q' & P' & -> & _ & Ho).
  - intros v Hv. by apply queued_none in Hv.
  - change (pending (replicate 8 []) (replicate 8 0)) with 0. lia.
  - destruct o; [by destruct Ho|done].
Qed.

(** The queue that is used for a peer. *)
Definition used_queue (s : ChunkSelector) (pc : PeerChunks) : PartialQueue.PartialQueue :=
  if is_seeder pc then m_sharedQueue s else m_downloadCache pc.

(** The answer of [find]: none without a position; after a jump, for which the
    queue is cleared, what a scan finds; otherwise the cache comes first. *)
Definition found (n r1 : Z) (s : ChunkSelector) (pc : PeerChunks) (pos : Z) : Prop :=
  if m_position s =? invalid_chunk then pos = invalid_chunk
  else if Z.land r1 63 =? 0 then scanned n s pc pos
  else answer n s pc (used_queue s pc) pos.

Lemma find_exact (n r1 r2 : Z) (s : ChunkSelector) (pc : PeerChunks) :
  0 < n -> inv n s pc ->
  exists pos s' pc', find r1 r2 s pc = Ok (pos, s', pc') /\ found n r1 s pc pos /\ inv n s' pc'.
Proof.
  intros Hn Hinv. unfold found. destruct (m_position s =? invalid_chunk) eqn:Ep.
  { exists invalid_chunk, s, pc. unfold find. by rewrite Ep. }
  rewrite find_unfold by done. cbv zeta. bool_prop.
  pose proof Hinv as [Hun Hbf Hhi Hno Hra Hpos Hsh Hca]. fold (used_queue s pc).
  assert (Hq0 : PartialQueue.is_enabled (used_queue s pc) = false \/
    queue_ok (fun v => 0 <= v < n /\ Bitfield.bit (m_bitfield pc) v = true) (used_queue s pc)).
  { unfold used_queue, is_seeder. destruct (Bitfield.is_all_set (m_bitfield pc)) eqn:Es; [right|done].
    rewrite (Bitfield.is_all_set_iff n _ Hbf) in Es. eapply queue_ok_impl; [|done]. intros v Hv. by split; [|apply Es]. }
  set (jump := Z.land r1 63 =? 0). set (s' := if jump then with_position s (r2 mod size s) else s).
  assert (Hs' : 0 <= m_position s' < n /\ inv n s' pc).
  { assert (Hsz : size s = n) by apply Hun. unfold s'. destruct jump.
    - rewrite Hsz. pose proof (Z.mod_pos_bound r2 n ltac:(lia)). split; [done|]. by split; try done; right.
    - split; [|done]. destruct Hpos as [?|?]; [done|lia]. }
  destruct Hs' as (Hp' & Hinv').
  assert (Hq : PartialQueue.is_enabled (if jump then PartialQueue.clear (used_queue s pc) else used_queue s pc) = false \/
    queue_ok (fun v => 0 <= v < n /\ Bitfield.bit (m_bitfield pc) v = true)
      (if jump then PartialQueue.clear (used_queue s pc) else used_queue s pc)).
  { destruct jump; [|done]. rewrite clear_enabled. destruct Hq0; [by left|right; by apply queue_ok_clear]. }
  destruct (find_in_queue_spec n s' pc _ Hinv' Hp' Hq) as (pos & q' & -> & Hs & Hok). res_simpl.
  assert (Hfound : if jump then scanned n s pc pos else answer n s pc (used_queue s pc) pos).
  { unfold s' in Hs. destruct jump; [|done]. unfold answer in Hs.
    assert (Ec : cached_answer (with_position s (r2 mod size s)) (PartialQueue.clear (used_queue s pc)) = None); [|by rewrite Ec in Hs].
    destruct Hq0 as [Hoff|Hq0]; [unfold cached_answer; by rewrite clear_enabled, Hoff|]. eapply (cached_clear n); [done| |done]. by intros v [? _]. }
  destruct (is_seeder pc) eqn:Es; do 3 eexists; (split; [reflexivity|]); (split; [exact Hfound|]).
  - destruct Hinv'. split; try done. eapply queue_ok_impl; [|done]. by intros v [? _].
  - destruct Hinv'. split; try done. by right.
Qed.

(** What a caller relies on: a chunk that the peer has and nobody has started. *)
Definition selection (n : Z) (s : ChunkSelector) (pc : PeerChunks) (pos : Z) : Prop :=
  (pos = invalid_chunk /\
     (m_position s = invalid_chunk \/
      forall i, 0 <= i < n -> wanted s i -> Bitfield.bit (m_bitfield pc) i = true ->
        ~ rarity_below (m_statistics s) i)) \/
  (0 <= pos < n /\ Bitfield.bit (untouched_bitfield s) pos = true /\
     Bitfield.bit (m_bitfield pc) pos = true).

Lemma found_selection n r1 s pc pos : found n r1 s pc pos -> selection n s pc pos.
Proof.
  assert (Hsc : scanned n s pc pos -> selection n s pc pos).
  { intros [[-> Hno]|(H1 & [H2 _] & H3 & _)]; [left; split; [done|right]|by right].
    intros i Hi Hw Hb Hr. apply (Hno i Hw). by split_and!; [..|apply Hw| |]; try lia. }
  unfold found, answer. destruct (m_position s =? invalid_chunk) eqn:E; bool_prop; [intros ->; left; split; [done|by left]|].
  destruct (Z.land r1 63 =? 0); [done|]. destruct (cached_answer _ _); [|done]. right. tauto.
Qed.

Lemma find_ok (n r1 r2 : Z) (s : ChunkSelector) (pc : PeerChunks) :
  0 < n -> inv n s pc ->
  exists pos s' pc', find r1 r2 s pc = Ok (pos, s', pc') /\ selection n s pc pos /\ inv n s' pc'.
Proof.
  intros Hn Hinv. destruct (find_exact n r1 r2 s pc Hn Hinv) as (pos & s' & pc' & E & Hf & Hi). exists pos, s', pc'.
  split; [done|]. split; [by eapply found_selection|done].
Qed.

(** C28: Choosing a chunk for a peer always returns, without an exception and
    without an access out of range, whatever the random values are and however
    stale the cached candidates.  Without a position the answer is
    [invalid_chunk].  Otherwise, if the queue used for the peer (the shared one
    for a seeder) still has candidates of an earlier scan that nobody has
    started, and this is not one of the calls that jump to a random position,
    the answer is the first of them, a chunk that the peer has, although its
    priority may be gone since.  In all other cases it is a chunk that the peer
    has, that nobody has started and that lies in a priority range, one of high
    priority if the peer offers any; or [invalid_chunk], if it offers none in
    any range.  To offer a chunk is to have it while nobody has started it and
    fewer than 255 accounted peers have it.  The invariant between selector,
    statistics, queues and bitfields is kept. *)
Theorem find_selects (n r1 r2 : Z) (s : ChunkSelector) (pc : PeerChunks) :
  0 < n -> inv n s pc ->
  exists pos s' pc', find r1 r2 s pc = Ok (pos, s', pc') /\ found n r1 s pc pos /\ inv n s' pc'.
Proof. apply find_exact. Qed.

(** ** The position *)

Lemma next_wanted_loop_spec n untouched l : Bitfield.ready n untouched ->
  forall lo first last, Ranges.canon_from lo l -> (forall i, Ranges.mem i l -> i < n) ->
  0 <= first < last -> last <= n -> match l with [] => True | f :: _ => first < f.2 end ->
  exists r, next_wanted_loop untouched l first last = Ok r /\
    ((r = invalid_chunk /\ forall i, first <= i < last -> Ranges.mem i l -> Bitfield.bit untouched i = false) \/
     (first <= r < last /\ Ranges.mem r l /\ Bitfield.bit untouched r = true)).
Proof.
  intros Hun. induction l as [|r l IH]; intros lo first last Hc Hm H0 Hn Hf.
  { exists invalid_chunk. split; [done|]. left. split; [done|]. by intros i _ []. }
  pose proof (range_bound n lo l r Hc Hm) as Hr2. destruct Hc as (H1 & H2 & Hc). cbn [next_wanted_loop].
  destruct (Z.ltb_spec r.1 last) as [Hlt|Hge].
  - destruct (Bitfield.find_first_set_bit n untouched (Z.max first r.1) (Z.min last r.2) Hun)
      as (c & -> & Hcase & Hleast); [lia|lia|]. res_simpl.
    destruct (Z.eqb_spec c (Z.min last r.2)) as [->|Hne]; cbn [negb].
    + destruct (IH r.2 first last Hc) as (x & -> & Hx); [intros i Hi; apply Hm; by right|lia|lia| |].
      { destruct l as [|f l]; [done|]. destruct Hc as (? & ? & _). lia. }
      exists x. split; [done|]. destruct Hx as [[-> Hx]|(? & ? & ?)]; [left|right; simpl; tauto].
      split; [done|]. intros i Hi [Hir|Hir]; [apply Hleast; lia|by apply Hx].
    + exists c. split; [done|]. right. destruct Hcase as [?|[Hin Hb]]; [done|].
      split; [lia|]. split; [left; lia|done].
  - exists invalid_chunk. split; [done|]. left. split; [done|]. intros i Hi [Hir|Hir]; [lia|].
    pose proof (Ranges.mem_lower _ _ _ Hc Hir). lia.
Qed.

(** Whether a search of [next_wanted_in_ranges] over [[first, last)) ended well. *)
Definition next_ok (untouched : Bitfield.Bitfield) (l : Ranges.ranges) (first last r : Z) : Prop :=
  (r = invalid_chunk /\ forall i, first <= i < last -> Ranges.mem i l -> Bitfield.bit untouched i = false) \/
  (first <= r < last /\ Ranges.mem r l /\ Bitfield.bit untouched r = true).

Lemma next_wanted_spec n untouched l first last : Bitfield.ready n untouched -> ranges_within n l ->
  0 <= first -> last <= n ->
  exists r, next_wanted_in_ranges untouched l first last = Ok r /\ next_ok untouched l first last r.
Proof.
  intros Hun [Hc Hm] H0 Hn. unfold next_wanted_in_ranges. destruct (Z.leb_spec last first).
  { exists invalid_chunk. split; [done|]. left. split; [done|]. intros i Hi. lia. }
  destruct (Ranges.find_spec first l (-1) Hc) as (F1 & F2 & F3 & F4).
  destruct (next_wanted_loop_spec n untouched (Ranges.find first l) Hun (-1) first last F1) as (r & -> & Hr);
    [intros i Hi; by apply Hm, F2|lia|lia|done|].
  exists r. split; [done|]. destruct Hr as [[-> Hr]|(? & ? & ?)]; [left|right].
  - split; [done|]. intros i Hi Hmi. apply Hr; [done|]. apply F3; [lia|done].
  - split; [done|]. split; [by apply F2|done].
Qed.

Lemma advance_position_ok (n : Z) (s : ChunkSelector) :
  0 < n -> Bitfield.ready n (untouched_bitfield s) -> ranges_within n (high_priority s) ->
  ranges_within n (normal_priority s) -> 0 <= m_position s ->
  exists s', advance_position s = Ok s' /\
    ((m_position s' = invalid_chunk /\ forall i, 0 <= i < n -> ~ wanted s i) \/
     (0 <= m_position s' < n /\ wanted s (m_position s') /\
      ((exists i, 0 <= i < n /\ Ranges.mem i (high_priority s) /\
          Bitfield.bit (untouched_bitfield s) i = true) ->
       Ranges.mem (m_position s') (high_priority s)))).
Proof.
  intros Hn Hun Hhi Hno H0. unfold advance_position, empty. assert (Hsz : size s = n) by apply Hun.
  rewrite Hsz, (proj2 (Z.eqb_neq n 0)) by lia. cbv zeta.
  set (start := if (m_position s =? invalid_chunk) || (n <=? m_position s) then 0 else m_position s).
  assert (Hst : 0 <= start < n).
  { unfold start. destruct (_ || _) eqn:E; [lia|]. apply orb_false_iff in E as [_ E]. bool_prop. lia. }
  assert (Hinv : invalid_chunk >= n) by (unfold invalid_chunk; destruct Hun as ([[? _] _] & _ & <-); lia).
  set (u := untouched_bitfield s) in *.
  destruct (next_wanted_spec n u (high_priority s) start n Hun Hhi) as (p1 & -> & [[-> H1]|(R1 & M1 & B1)]);
    [lia|lia|..]; res_simpl.
  2: { rewrite !(proj2 (Z.eqb_neq p1 invalid_chunk)) by lia. res_simpl.
       rewrite !(proj2 (Z.eqb_neq p1 invalid_chunk)) by lia. res_simpl.
       rewrite !(proj2 (Z.eqb_neq p1 invalid_chunk)) by lia. res_simpl.
       eexists. split; [reflexivity|]. right. simpl. split; [lia|]. split; [|done]. split; [done|by left]. }
  rewrite Z.eqb_refl.
  destruct (next_wanted_spec n u (high_priority s) 0 start Hun Hhi) as (p2 & -> & [[-> H2]|(R2 & M2 & B2)]);
    [lia|lia|..]; res_simpl.
  2: { rewrite !(proj2 (Z.eqb_neq p2 invalid_chunk)) by lia. res_simpl.
       rewrite !(proj2 (Z.eqb_neq p2 invalid_chunk)) by lia. res_simpl.
       eexists. split; [reflexivity|]. right. simpl. split; [lia|]. split; [|done]. split; [done|by left]. }
  rewrite Z.eqb_refl.
  assert (Hnh : forall i, 0 <= i < n -> Ranges.mem i (high_priority s) -> Bitfield.bit u i = false).
  { intros i Hi Hm. destruct (Z.lt_ge_cases i start); [apply H2|apply H1]; (done || lia). }
  assert (Hfin : forall p, 0 <= p < n -> Ranges.mem p (normal_priority s) -> Bitfield.bit u p = true ->
    0 <= p < n /\ wanted s p /\ ((exists i, 0 <= i < n /\ Ranges.mem i (high_priority s) /\
      Bitfield.bit u i = true) -> Ranges.mem p (high_priority s))).
  { intros p Hp Hm Hb. split; [done|]. split; [split; [done|by right]|].
    intros (i & Hi & Hmi & Hbi). rewrite Hnh in Hbi; done. }
  destruct (next_wanted_spec n u (normal_priority s) start n Hun Hno) as (p3 & -> & [[-> H3]|(R3 & M3 & B3)]);
    [lia|lia|..]; res_simpl.
  2: { rewrite !(proj2 (Z.eqb_neq p3 invalid_chunk)) by lia. res_simpl.
       eexists. split; [reflexivity|]. right. apply Hfin; (done || (simpl; lia)). }
  rewrite Z.eqb_refl.
  destruct (next_wanted_spec n u (normal_priority s) 0 start Hun Hno) as (p4 & -> & [[-> H4]|(R4 & M4 & B4)]);
    [lia|lia|..]; res_simpl; eexists; (split; [reflexivity|]).
  - left. split; [done|]. intros i Hi [Hb [Hm|Hm]]; fold u in Hb.
    + by rewrite Hnh in Hb.
    + destruct (Z.lt_ge_cases i start); [rewrite H4 in Hb|rewrite H3 in Hb]; (done || lia).
  - right. apply Hfin; (done || (simpl; lia)).
Qed.

(** After [advance_position] the position is a wanted chunk, one of the
    high priority ranges if any untouched chunk is there, and
    [invalid_chunk] exactly when no untouched chunk is in any range. *)
Theorem advance_position_wanted (n : Z) (s : ChunkSelector) :
  0 < n -> Bitfield.ready n (untouched_bitfield s) -> ranges_within n (high_priority s) ->
  ranges_within n (normal_priority s) -> 0 <= m_position s ->
  exists s', advance_position s = Ok s' /\
    ((m_position s' = invalid_chunk /\ forall i, 0 <= i < n -> ~ wanted s i) \/
     (0 <= m_position s' < n /\ wanted s (m_position s') /\
      ((exists i, 0 <= i < n /\ Ranges.mem i (high_priority s) /\
          Bitfield.bit (untouched_bitfield s) i = true) ->
       Ranges.mem (m_position s') (high_priority s)))).
Proof. apply advance_position_ok. Qed.

(** ** Marking a chunk as taken *)

Lemma find_keeps r1 r2 s pc pos s' pc' : find r1 r2 s pc = Ok (pos, s', pc') ->
  untouched_bitfield s' = untouched_bitfield s /\ m_bitfield pc' = m_bitfield pc.
Proof.
  intros E. destruct (m_position s =? invalid_chunk) eqn:Ep.
  { unfold find in E. rewrite Ep in E. by injection E as <- <- <-. }
  rewrite find_unfold in E by done. cbv zeta in E. apply bind_ok in E as ([x q] & _ & E).
  destruct (is_seeder pc); injection E as <- <- <-; by destruct (Z.land r1 63 =? 0).
Qed.

Lemma advance_position_fields s s' : advance_position s = Ok s' -> s' = with_position s (m_position s').
Proof.
  unfold advance_position. destruct (empty s); [by intros [= <-]|]. cbv zeta. intros E.
  do 4 (apply bind_ok in E as (? & _ & E)). by injection E as <-.
Qed.

Lemma inv_position_nonneg n s pc : inv n s pc -> 0 <= m_position s.
Proof. intros Hi. destruct (inv_position n s pc Hi) as [->|?]; [by unfold invalid_chunk|lia]. Qed.

(** A chunk that nobody has started can be taken, and is then taken. *)
Lemma using_index_ok n s pc i : 0 < n -> inv n s pc -> 0 <= i < n -> Bitfield.bit (untouched_bitfield s) i = true ->
  exists s', using_index s i = Ok s' /\ inv n s' pc /\
    forall j, 0 <= j < n -> Bitfield.bit (untouched_bitfield s') j = negb (i =? j) && Bitfield.bit (untouched_bitfield s) j.
Proof.
  intros Hn Hinv Hi Hb. pose proof Hinv as [Hun Hbf Hhi Hno Hra Hpos Hsh Hca]. unfold using_index.
  assert (Hsz : size s = n) by apply Hun. rewrite Hsz, (proj2 (Z.leb_gt n i)) by lia. res_simpl.
  rewrite (Bitfield.get_bit n _ i Hun Hi), Hb. res_simpl.
  destruct (Bitfield.unset_bit n _ i Hun Hi) as (u & -> & Hu & Hbits). res_simpl.
  set (s1 := with_untouched s u). assert (Hinv1 : inv n s1 pc) by (by split).
  destruct (i =? m_position s1); [|by exists s1].
  destruct (advance_position_ok n s1 Hn Hu Hhi Hno (inv_position_nonneg n s1 pc Hinv1)) as (s2 & E & Hp).
  exists s2. split; [done|]. rewrite (advance_position_fields s1 s2 E). split; [|done].
  split; try done. cbn [with_position m_position]. destruct Hp as [[-> _]|(? & _)]; [by left|by right].
Qed.

(** Four chunks, the last two untouched, one of them of high priority. *)
Definition sample_selector : ChunkSelector :=
  mkChunkSelector (Bitfield.mkBitfield 4 2 (Some [192])) (Bitfield.mkBitfield 4 2 (Some [48]))
    [(3, 4)] [(0, 3)] (ChunkStatistics.mkChunkStatistics [2; 1; 1; 2] 0 2)
    (PartialQueue.clear (res_value PartialQueue.empty_queue (PartialQueue.enable PartialQueue.empty_queue 32))) 2.
Definition sample_pc : PeerChunks :=
  mkPeerChunks true (Bitfield.mkBitfield 4 2 (Some [96])) PartialQueue.empty_queue (Rate.new_rate 600).

Lemma sample_selector_inv : inv 4 sample_selector sample_pc.
Proof.
  split.
  - by apply Bitfield.ready_check_ready.
  - by apply Bitfield.ready_check_ready.
  - split; [repeat split; simpl; lia|]. intros i [?|[]]. simpl in *. lia.
  - split; [repeat split; simpl; lia|]. intros i [?|[]]. simpl in *. lia.
  - intros i Hi. assert (i = 0 \/ i = 1 \/ i = 2 \/ i = 3) as [-> | [-> | [-> | -> ]]] by lia;
      eexists; (split; [reflexivity|lia]).
  - right. simpl. lia.
  - destruct (PartialQueue.clear_rep PartialQueue.empty_queue 32) as (q & E & Hr); [lia..|].
    exists 32. do 2 eexists. unfold sample_selector. cbn [m_sharedQueue]. rewrite E. simpl res_value.
    split; [exact Hr|]. intros v Hv. by apply queued_none in Hv.
  - by left.
Qed.

Lemma find_selects_witness :
  exists s' pc', find 1 0 sample_selector sample_pc = Ok (2, s', pc') /\ inv 4 s' pc'.
Proof.
  destruct (find_selects 4 1 0 sample_selector sample_pc) as (pos & s' & pc' & H1 & _ & H3);
    [lia|exact sample_selector_inv|].
  exists s', pc'. split; [|exact H3]. rewrite H1. vm_compute in H1. injection H1 as <- _ _. reflexivity.
Defined.

Lemma advance_position_wanted_witness :
  exists s', advance_position sample_selector = Ok s' /\ m_position s' = 3.
Proof.
  destruct (advance_position_wanted 4 sample_selector) as (s' & H1 & _);
    [lia|apply sample_selector_inv|apply sample_selector_inv|apply sample_selector_inv|simpl; lia|].
  exists s'. split; [exact H1|]. vm_compute in H1. injection H1 as <-. reflexivity.
Defined.

(** The cache of a peer outlives the priorities: a candidate that an earlier scan
    left is chosen although it is in no range any more. *)
Definition old_cache : PartialQueue.PartialQueue :=
  res_value PartialQueue.empty_queue
    (q ← PartialQueue.enable PartialQueue.empty_queue 8; '(_, q) ← PartialQueue.insert (PartialQueue.clear q) 1 2; Ok q).

Example stale_candidate_chosen :
  let s := mkChunkSelector (Bitfield.mkBitfield 4 0 (Some [0])) (Bitfield.mkBitfield 4 4 (Some [240]))
    [] [(0, 1)] (ChunkStatistics.mkChunkStatistics [1; 1; 1; 1] 0 1) (m_sharedQueue sample_selector) 0 in
  let pc := mkPeerChunks true (Bitfield.mkBitfield 4 3 (Some [224])) old_cache (Rate.new_rate 600) in
  is_wanted s 2 = Ok false /\ exists s' pc', find 1 0 s pc = Ok (2, s', pc').
Proof. cbv zeta. split; [vm_compute; reflexivity|]. do 2 eexists. vm_compute. reflexivity. Qed.

(** A chunk that 255 accounted peers have is never selected from a scan:
    its rarity is at the ceiling of the queue, so a peer that can offer only
    such chunks is reported as having nothing. *)
Theorem common_chunk_overlooked :
  let s := mkChunkSelector (Bitfield.mkBitfield 1 0 (Some [0])) (Bitfield.mkBitfield 1 1 (Some [128]))
    [] [(0, 1)] (ChunkStatistics.mkChunkStatistics [255] 0 255) (m_sharedQueue sample_selector) 0 in
  let pc := mkPeerChunks true (Bitfield.mkBitfield 1 1 (Some [128])) PartialQueue.empty_queue
    (Rate.new_rate 600) in
  wanted s 0 /\ Bitfield.bit (m_bitfield pc) 0 = true /\
  exists s' pc', find 1 0 s pc = Ok (invalid_chunk, s', pc').
Proof.
  cbv zeta. split; [split; [reflexivity|right; left; simpl; lia]|]. split; [reflexivity|].
  do 2 eexists. vm_compute. reflexivity.
Qed.

End ChunkSelector.
