(* ===== verification/Object.v ===== *)
(** * Bencode objects (src/torrent/object.h, object.cc, object_raw_bencode.h)

    The tagged union [Object] with its flags, the ordered map of a dictionary,
    the checked accessors, copying, merging and the views on raw bencode. *)

From S2P Require Import Prelude.

(** Byte strings, ordered as [std::string] is: by unsigned characters. *)
Abbreviation bytes := (list Z).

Fixpoint str_compare (a b : bytes) : comparison :=
  match a, b with
  | [], [] => Eq
  | [], _ :: _ => Lt
  | _ :: _, [] => Gt
  | x :: a, y :: b =>
      match x ?= y with Eq => str_compare a b | c => c end
  end.

Definition str_lt (a b : bytes) : bool :=
  match str_compare a b with Lt => true | _ => false end.
Definition str_le (a b : bytes) : bool := negb (str_lt b a).
Definition str_eqb (a b : bytes) : bool :=
  match str_compare a b with Eq => true | _ => false end.

Lemma str_compare_eq a b : str_compare a b = Eq <-> a = b.
Proof.
  revert b. induction a as [|x a IH]; intros [|y b]; simpl; try done.
  destruct (Z.compare_spec x y) as [->|H|H].
  - rewrite IH. split; congruence.
  - split; [done|]. intros [= -> ->]. lia.
  - split; [done|]. intros [= -> ->]. lia.
Qed.

Lemma str_compare_antisym a b : str_compare b a = CompOpp (str_compare a b).
Proof.
  revert b. induction a as [|x a IH]; intros [|y b]; simpl; try done.
  rewrite (Z.compare_antisym x y). destruct (x ?= y); simpl; [apply IH|done..].
Qed.

Lemma str_compare_trans a b c :
  str_compare a b = Lt -> str_compare b c = Lt -> str_compare a c = Lt.
Proof.
  revert b c. induction a as [|x a IH]; intros [|y b] [|z c]; simpl; try done.
  destruct (Z.compare_spec x y), (Z.compare_spec y z); try done; intros; subst.
  - rewrite Z.compare_refl. by apply (IH b).
  - by rewrite (proj2 (Z.compare_lt_iff _ _)).
  - by rewrite (proj2 (Z.compare_lt_iff _ _)).
  - rewrite (proj2 (Z.compare_lt_iff _ _)) by lia. done.
Qed.

Lemma str_lt_trans a b c : str_lt a b = true -> str_lt b c = true -> str_lt a c = true.
Proof.
  unfold str_lt. destruct (str_compare a b) eqn:E1, (str_compare b c) eqn:E2; try done.
  by rewrite (str_compare_trans a b c).
Qed.

Lemma str_lt_irrefl a : str_lt a a = false.
Proof. unfold str_lt. by rewrite (proj2 (str_compare_eq a a)). Qed.

Lemma str_eqb_spec a b : reflect (a = b) (str_eqb a b).
Proof.
  unfold str_eqb. destruct (str_compare a b) eqn:E; constructor.
  - by apply str_compare_eq.
  - intros ->. by rewrite (proj2 (str_compare_eq b b)) in E.
  - intros ->. by rewrite (proj2 (str_compare_eq b b)) in E.
Qed.

Lemma str_lt_total a b : a <> b -> str_lt a b = false -> str_lt b a = true.
Proof.
  unfold str_lt. rewrite (str_compare_antisym a b). intros H. destruct (str_compare a b) eqn:E; try done.
  by apply str_compare_eq in E.
Qed.

Module Object.

(** ** Data

    Every constructor carries [m_flags & mask_flags] of its object. *)

#[local] Unset Elimination Schemes.
Inductive Object :=
  | TYPE_NONE (f : Z)
  | TYPE_RAW_BENCODE (f : Z) (raw : bytes)
  | TYPE_RAW_STRING (f : Z) (raw : bytes)
  | TYPE_RAW_LIST (f : Z) (raw : bytes)
  | TYPE_RAW_MAP (f : Z) (raw : bytes)
  | TYPE_VALUE (f : Z) (v : Z)
  | TYPE_STRING (f : Z) (s : bytes)
  | TYPE_LIST (f : Z) (l : list Object)
  | TYPE_MAP (f : Z) (m : list (bytes * Object))
  | TYPE_DICT_KEY (f : Z) (k : bytes) (o : Object).

Section Object_ind.
  Variable P : Object -> Prop.
  Hypothesis Pnone : forall f, P (TYPE_NONE f).
  Hypothesis Pbencode : forall f r, P (TYPE_RAW_BENCODE f r).
  Hypothesis Prstring : forall f r, P (TYPE_RAW_STRING f r).
  Hypothesis Prlist : forall f r, P (TYPE_RAW_LIST f r).
  Hypothesis Prmap : forall f r, P (TYPE_RAW_MAP f r).
  Hypothesis Pvalue : forall f v, P (TYPE_VALUE f v).
  Hypothesis Pstring : forall f s, P (TYPE_STRING f s).
  Hypothesis Plist : forall f l, Forall P l -> P (TYPE_LIST f l).
  Hypothesis Pmap : forall f m, Forall (fun kv => P kv.2) m -> P (TYPE_MAP f m).
  Hypothesis Pdict : forall f k o, P o -> P (TYPE_DICT_KEY f k o).

Fixpoint Object_ind (o : Object) : P o :=
  match o with
  | TYPE_NONE f => Pnone f
  | TYPE_RAW_BENCODE f r => Pbencode f r
  | TYPE_RAW_STRING f r => Prstring f r
  | TYPE_RAW_LIST f r => Prlist f r
  | TYPE_RAW_MAP f r => Prmap f r
  | TYPE_VALUE f v => Pvalue f v
  | TYPE_STRING f s => Pstring f s
  | TYPE_LIST f l =>
      Plist f l ((fix go (l : list Object) : Forall P l :=
        match l with
        | [] => List.Forall_nil P
        | a :: l => @List.Forall_cons _ P a l (Object_ind a) (go l)
        end) l)
  | TYPE_MAP f m =>
      Pmap f m ((fix go (m : list (bytes * Object)) : Forall (fun kv => P kv.2) m :=
        match m with
        | [] => List.Forall_nil _
        | a :: m => @List.Forall_cons _ (fun kv => P kv.2) a m (Object_ind a.2) (go m)
        end) m)
  | TYPE_DICT_KEY f k o => Pdict f k o (Object_ind o)
  end.
End Object_ind.

Definition mask_type : Z := 255.
Definition mask_internal : Z := 65535.
Definition mask_public : Z := 2 ^ 32 - 1 - mask_internal.
Definition flag_unordered : Z := 256.
Definition flag_static_data : Z := 65536.

(** [type()], as the position of the enumerator. *)
Definition type (o : Object) : Z :=
  match o with
  | TYPE_NONE _ => 0
  | TYPE_RAW_BENCODE _ _ => 1
  | TYPE_RAW_STRING _ _ => 2
  | TYPE_RAW_LIST _ _ => 3
  | TYPE_RAW_MAP _ _ => 4
  | TYPE_VALUE _ _ => 5
  | TYPE_STRING _ _ => 6
  | TYPE_LIST _ _ => 7
  | TYPE_MAP _ _ => 8
  | TYPE_DICT_KEY _ _ _ => 9
  end.

Definition flags (o : Object) : Z :=
  match o with
  | TYPE_NONE f | TYPE_RAW_BENCODE f _ | TYPE_RAW_STRING f _ | TYPE_RAW_LIST f _
  | TYPE_RAW_MAP f _ | TYPE_VALUE f _ | TYPE_STRING f _ | TYPE_LIST f _
  | TYPE_MAP f _ | TYPE_DICT_KEY f _ _ => f
  end.

Definition with_flags (o : Object) (f : Z) : Object :=
  match o with
  | TYPE_NONE _ => TYPE_NONE f
  | TYPE_RAW_BENCODE _ r => TYPE_RAW_BENCODE f r
  | TYPE_RAW_STRING _ r => TYPE_RAW_STRING f r
  | TYPE_RAW_LIST _ r => TYPE_RAW_LIST f r
  | TYPE_RAW_MAP _ r => TYPE_RAW_MAP f r
  | TYPE_VALUE _ v => TYPE_VALUE f v
  | TYPE_STRING _ s => TYPE_STRING f s
  | TYPE_LIST _ l => TYPE_LIST f l
  | TYPE_MAP _ m => TYPE_MAP f m
  | TYPE_DICT_KEY _ k o => TYPE_DICT_KEY f k o
  end.

Definition set_flags (o : Object) (f : Z) : Object :=
  with_flags o (Z.lor (flags o) (Z.land f mask_public)).
Definition unset_flags (o : Object) (f : Z) : Object :=
  with_flags o (Z.ldiff (flags o) (Z.land f mask_public)).
Definition set_internal_flags (o : Object) (f : Z) : Object :=
  with_flags o (Z.lor (flags o) (Z.land f (Z.ldiff mask_internal mask_type))).
Definition unset_internal_flags (o : Object) (f : Z) : Object :=
  with_flags o (Z.ldiff (flags o) (Z.land f (Z.ldiff mask_internal mask_type))).

(** [flags() & mask != 0]. *)
Definition has_flags (o : Object) (mask : Z) : bool := negb (Z.land (flags o) mask =? 0).

Definition is_empty (o : Object) : bool := type o =? 0.
Definition is_value (o : Object) : bool := type o =? 5.
Definition is_string (o : Object) : bool := type o =? 6.
Definition is_list (o : Object) : bool := type o =? 7.
Definition is_map (o : Object) : bool := type o =? 8.

Definition create_value : Object := TYPE_VALUE 0 0.
Definition create_string : Object := TYPE_STRING 0 [].
Definition create_list : Object := TYPE_LIST 0 [].
Definition create_map : Object := TYPE_MAP 0 [].
Definition create_dict_key : Object := TYPE_DICT_KEY 0 [] (TYPE_NONE 0).

Definition create_empty (t : Z) : Object :=
  if t =? 1 then TYPE_RAW_BENCODE 0 []
  else if t =? 2 then TYPE_RAW_STRING 0 []
  else if t =? 3 then TYPE_RAW_LIST 0 []
  else if t =? 4 then TYPE_RAW_MAP 0 []
  else if t =? 5 then create_value
  else if t =? 6 then create_string
  else if t =? 7 then create_list
  else if t =? 8 then create_map
  else if t =? 9 then create_dict_key
  else TYPE_NONE 0.

(** The copy constructor, and [operator=] from another object: the internal
    flags are dropped, also in the elements of a container. *)
Fixpoint copy (o : Object) : Object :=
  match o with
  | TYPE_NONE f => TYPE_NONE (Z.land f mask_public)
  | TYPE_RAW_BENCODE f r => TYPE_RAW_BENCODE (Z.land f mask_public) r
  | TYPE_RAW_STRING f r => TYPE_RAW_STRING (Z.land f mask_public) r
  | TYPE_RAW_LIST f r => TYPE_RAW_LIST (Z.land f mask_public) r
  | TYPE_RAW_MAP f r => TYPE_RAW_MAP (Z.land f mask_public) r
  | TYPE_VALUE f v => TYPE_VALUE (Z.land f mask_public) v
  | TYPE_STRING f s => TYPE_STRING (Z.land f mask_public) s
  | TYPE_LIST f l => TYPE_LIST (Z.land f mask_public) (List.map copy l)
  | TYPE_MAP f m =>
      TYPE_MAP (Z.land f mask_public) (List.map (fun kv => (fst kv, copy (snd kv))) m)
  | TYPE_DICT_KEY f k o => TYPE_DICT_KEY (Z.land f mask_public) k (copy o)
  end.

(** ** The ordered map of a dictionary ([std::map]) *)

Abbreviation map_type := (list (bytes * Object)).

Fixpoint map_find (k : bytes) (m : map_type) : option Object :=
  match m with
  | [] => None
  | (k', v) :: m => if str_eqb k k' then Some v else map_find k m
  end.

(** [m[k] = v] *)
Fixpoint map_assign (k : bytes) (v : Object) (m : map_type) : map_type :=
  match m with
  | [] => [(k, v)]
  | (k', v') :: m' =>
      if str_lt k k' then (k, v) :: m
      else if str_eqb k k' then (k, v) :: m'
      else (k', v') :: map_assign k v m'
  end.

Fixpoint map_erase (k : bytes) (m : map_type) : map_type :=
  match m with
  | [] => []
  | (k', v) :: m => if str_eqb k k' then m else (k', v) :: map_erase k m
  end.

(** ** Checked accessors *)

Definition check_throw (t : Z) (o : Object) : res unit :=
  throw_when (negb (t =? type o)) bencode_error.

Definition as_value (o : Object) : res Z :=
  match o with TYPE_VALUE _ v => Ok v | _ => Throw bencode_error end.
Definition as_string (o : Object) : res bytes :=
  match o with TYPE_STRING _ s => Ok s | _ => Throw bencode_error end.
Definition as_list (o : Object) : res (list Object) :=
  match o with TYPE_LIST _ l => Ok l | _ => Throw bencode_error end.
Definition as_map (o : Object) : res map_type :=
  match o with TYPE_MAP _ m => Ok m | _ => Throw bencode_error end.

(** [as_value_type<T>], with the bounds of [T]. *)
Definition as_value_type (min max : Z) (o : Object) : res Z :=
  match o with
  | TYPE_VALUE _ v =>
      _ ← throw_when (negb ((min <=? v) && (v <=? max))) bencode_error; Ok v
  | _ => Throw bencode_error
  end.

Definition has_key (o : Object) (k : bytes) : res bool :=
  m ← as_map o; Ok (match map_find k m with Some _ => true | None => false end).

(** [has_key_value], [has_key_string], ... by the type they ask for. *)
Definition has_key_type (t : Z) (o : Object) (k : bytes) : res bool :=
  m ← as_map o;
  Ok (match map_find k m with Some v => type v =? t | None => false end).

Definition get_key (o : Object) (k : bytes) : res Object :=
  m ← as_map o;
  match map_find k m with Some v => Ok v | None => Throw bencode_error end.

Definition with_map (o : Object) (m : map_type) : Object := TYPE_MAP (flags o) m.

Definition insert_key (o : Object) (k : bytes) (b : Object) : res Object :=
  m ← as_map o; Ok (with_map o (map_assign k (copy b) m)).

Definition erase_key (o : Object) (k : bytes) : res Object :=
  m ← as_map o; Ok (with_map o (map_erase k m)).

Definition insert_front (o b : Object) : res Object :=
  l ← as_list o; Ok (TYPE_LIST (flags o) (copy b :: l)).
Definition insert_back (o b : Object) : res Object :=
  l ← as_list o; Ok (TYPE_LIST (flags o) (l ++ [copy b])).

(** [insert_preserve_any]: the new object and whether the insertion took place. *)
Definition insert_preserve_any (o : Object) (k : bytes) (b : Object) : res (Object * bool) :=
  m ← as_map o;
  match map_find k m with
  | Some _ => Ok (o, false)
  | None => Ok (with_map o (map_assign k (copy b) m), true)
  end.

(** [dst.move(src)], for two distinct objects: what they hold afterwards. *)
Definition move (dst src : Object) : Object * Object := (src, create_empty (type src)).

Definition insert_preserve_type (o : Object) (k : bytes) (b : Object)
    : res (Object * bool * Object) :=
  m ← as_map o;
  match map_find k m with
  | Some v =>
      if type v =? type b then Ok (o, false, b)
      else let '(v', b') := move v b in Ok (with_map o (map_assign k v' m), true, b')
  | None => Ok (with_map o (map_assign k (copy b) m), true, b)
  end.

Definition object_equal (l r : Object) : bool :=
  (type l =? type r) &&
  match l, r with
  | TYPE_NONE _, TYPE_NONE _ => true
  | TYPE_VALUE _ a, TYPE_VALUE _ b => a =? b
  | TYPE_STRING _ a, TYPE_STRING _ b => str_eqb a b
  | _, _ => false
  end.

(** [merge_copy].  The loop runs over the source entries with [destItr] as the
    destination entries before it and from it on; comparing with [*destItr]
    at the end of the map reads past it.  The recursive call passes
    [maxDepth - 1] in the place of the skip mask and leaves the depth at its
    default.  The nesting of the source bounds the recursion. *)
Fixpoint merge_copy (self object : Object) (skip_mask maxDepth : Z) {struct object} : res Object :=
  let fix merge_loop (src : map_type) (pre post : map_type) {struct src} : res map_type :=
    match src with
    | [] => Ok (pre ++ post)
    | (k, v) :: src =>
        let '(skipped, post) := find_split (fun kv => str_le k (fst kv)) post in
        match post with
        | [] => UB
        | (k', v') :: post' =>
            if str_lt k k' then merge_loop src (pre ++ skipped ++ [(k, copy v)]) post
            else
              w ← merge_copy v' v (u32 (maxDepth - 1)) (2 ^ 32 - 1);
              merge_loop src (pre ++ skipped) ((k', w) :: post')
        end
    end in
  if (maxDepth =? 0) || has_flags self skip_mask || negb (Z.land (type self) skip_mask =? 0) then
    Ok (copy object)
  else
    match object with
    | TYPE_MAP _ m =>
        let self := if is_map self then self else create_map in
        dest ← as_map self;
        d ← merge_loop m [] dest;
        Ok (with_map self d)
    | _ => Ok (copy object)
    end.

(** ** Raw bencode *)

(** A [char] as the comparisons see it, on platforms where it is signed. *)
Definition schar (b : Z) : Z := if b <? 128 then b else b - 256.

(** [m_data[0]], which the callers read only when [m_size] is not zero. *)
Definition raw_first (raw : bytes) : Z := schar (nth 0 raw 0).

Definition is_raw_value (raw : bytes) : bool := (3 <=? zlen raw) && (105 <=? raw_first raw).
Definition is_raw_string (raw : bytes) : bool :=
  (2 <=? zlen raw) && (48 <=? raw_first raw) && (raw_first raw <=? 57).
Definition is_raw_list (raw : bytes) : bool := (2 <=? zlen raw) && (108 <=? raw_first raw).
Definition is_raw_map (raw : bytes) : bool := (2 <=? zlen raw) && (100 <=? raw_first raw).

(** [data() + 1], [size() - 2] *)
Definition raw_inner (raw : bytes) : bytes := take (length raw - 2) (drop 1 raw).

Definition as_value_string (raw : bytes) : res bytes :=
  _ ← throw_when (negb (is_raw_value raw)) bencode_error; Ok (raw_inner raw).
Definition as_raw_string (raw : bytes) : res bytes :=
  _ ← throw_when (negb (is_raw_string raw)) bencode_error;
  match snd (find_split (fun c => c =? 58) raw) with
  | [] => Throw internal_error
  | _ :: s => Ok s
  end.
Definition as_raw_list (raw : bytes) : res bytes :=
  _ ← throw_when (negb (is_raw_list raw)) bencode_error; Ok (raw_inner raw).
Definition as_raw_map (raw : bytes) : res bytes :=
  _ ← throw_when (negb (is_raw_map raw)) bencode_error; Ok (raw_inner raw).

(** ** The map refines a finite map *)

(** Keys in strictly increasing order. *)
Fixpoint map_sorted (m : map_type) : Prop :=
  match m with
  | [] => True
  | (k, _) :: m => Forall (fun kv => str_lt k (fst kv) = true) m /\ map_sorted m
  end.

Definition abs (m : map_type) : gmap bytes Object := list_to_map m.

Lemma map_find_abs k m : map_find k m = abs m !! k.
Proof.
  induction m as [|[k' v] m IH]; simpl; [by rewrite lookup_empty|].
  unfold abs in *. simpl. destruct (str_eqb_spec k k') as [->|Hne].
  - by rewrite lookup_insert_eq.
  - rewrite lookup_insert_ne by done. done.
Qed.

Lemma map_assign_abs k v m : abs (map_assign k v m) = <[k := v]> (abs m).
Proof.
  induction m as [|[k' v'] m IH]; simpl; [done|]. unfold abs in *.
  destruct (str_lt k k'); [done|]. destruct (str_eqb_spec k k') as [->|Hne]; simpl.
  - by rewrite insert_insert_eq.
  - by rewrite IH, insert_insert_ne.
Qed.

Lemma map_assign_keys P k v m : P k -> Forall (fun kv => P kv.1) m ->
  Forall (fun kv : bytes * Object => P kv.1) (map_assign k v m).
Proof.
  intros Hk. induction 1 as [|[k' v'] m Hp Hm IH]; simpl; [by apply Forall_cons|].
  destruct (str_lt k k'); [by repeat apply Forall_cons_2|].
  destruct (str_eqb k k'); by apply Forall_cons_2.
Qed.

Lemma map_assign_sorted k v m : map_sorted m -> map_sorted (map_assign k v m).
Proof.
  induction m as [|[k' v'] m IH]; simpl; [done|]. intros [Hk Hm].
  destruct (str_lt k k') eqn:E; simpl.
  - split; [|by split]. apply Forall_cons_2; [done|]. eapply Forall_impl; [done|].
    intros kv. simpl. by apply str_lt_trans.
  - destruct (str_eqb_spec k k') as [->|Hne]; simpl; [done|].
    split; [|by apply IH]. apply (map_assign_keys (fun x => str_lt k' x = true)); [|done].
    by apply str_lt_total.
Qed.

Lemma abs_fresh k m : Forall (fun kv : bytes * Object => str_lt k (fst kv) = true) m -> abs m !! k = None.
Proof.
  unfold abs. intros H. apply not_elem_of_list_to_map_1. intros Hin.
  apply list_elem_of_fmap in Hin as ([k' v] & -> & Hin). rewrite Forall_forall in H.
  specialize (H _ Hin). simpl in H. by rewrite str_lt_irrefl in H.
Qed.

Lemma map_erase_abs k m : map_sorted m -> abs (map_erase k m) = delete k (abs m).
Proof.
  induction m as [|[k' v] m IH]; simpl; [by rewrite delete_empty|]. intros [Hk Hm]. unfold abs in *.
  destruct (str_eqb_spec k k') as [->|Hne]; simpl.
  - rewrite delete_insert_id; [done|]. by apply abs_fresh.
  - by rewrite IH, delete_insert_ne.
Qed.

Lemma map_erase_sorted k m : map_sorted m -> map_sorted (map_erase k m).
Proof.
  induction m as [|[k' v] m IH]; simpl; [done|]. intros [Hk Hm].
  destruct (str_eqb k k'); [done|]. simpl. split; [|by apply IH]. clear IH Hm.
  induction Hk as [|[k2 v2] m Hx Hm IHm]; simpl; [done|].
  destruct (str_eqb k k2); [done|]. by apply Forall_cons_2.
Qed.

Lemma map_assign_last k v m : Forall (fun kv : bytes * Object => str_lt kv.1 k = true) m ->
  map_assign k v m = m ++ [(k, v)].
Proof.
  induction 1 as [|[k' v'] m Hx _ IH]; simpl; [done|]. simpl in Hx.
  destruct (str_lt k k') eqn:E.
  - pose proof (str_lt_trans _ _ _ Hx E) as H. by rewrite str_lt_irrefl in H.
  - destruct (str_eqb_spec k k') as [->|Hne]; [by rewrite str_lt_irrefl in Hx|]. by rewrite IH.
Qed.

(** A dictionary is a finite map with its keys in order: inserting, erasing
    and looking up a key do on the ordered entries what insertion, deletion
    and lookup do on the abstract map, the inserted object loses its internal
    flags, a missing key throws [bencode_error], and the order is kept. *)
Theorem dictionary_refines_map (f : Z) (m : map_type) (k : bytes) (b : Object) :
  map_sorted m ->
  (exists m1, insert_key (TYPE_MAP f m) k b = Ok (TYPE_MAP f m1) /\
     abs m1 = <[k := copy b]> (abs m) /\ map_sorted m1) /\
  (exists m2, erase_key (TYPE_MAP f m) k = Ok (TYPE_MAP f m2) /\
     abs m2 = delete k (abs m) /\ map_sorted m2) /\
  get_key (TYPE_MAP f m) k =
    match abs m !! k with Some v => Ok v | None => Throw bencode_error end /\
  has_key (TYPE_MAP f m) k = Ok (bool_decide (is_Some (abs m !! k))).
Proof.
  intros Hs. split; [|split; [|split]].
  - eexists. split; [reflexivity|]. split; [apply map_assign_abs|by apply map_assign_sorted].
  - eexists. split; [reflexivity|]. split; [by apply map_erase_abs|by apply map_erase_sorted].
  - unfold get_key. simpl. by rewrite map_find_abs.
  - unfold has_key. simpl. rewrite map_find_abs. by destruct (abs m !! k).
Qed.

Lemma dictionary_refines_map_witness :
  get_key (TYPE_MAP 0 [([97], TYPE_VALUE 0 1); ([98], TYPE_VALUE 0 2)]) [98] = Ok (TYPE_VALUE 0 2).
Proof.
  destruct (dictionary_refines_map 0 [([97], TYPE_VALUE 0 1); ([98], TYPE_VALUE 0 2)] [98]
    create_map) as (_ & _ & H & _).
  - repeat split; repeat constructor.
  - rewrite H. reflexivity.
Defined.

(** ** Copies *)

(** An object with no flags anywhere. *)
Fixpoint plain (o : Object) : bool :=
  match o with
  | TYPE_LIST f l => (f =? 0) && forallb plain l
  | TYPE_MAP f m => (f =? 0) && forallb (fun kv => plain (snd kv)) m
  | TYPE_DICT_KEY f _ o => (f =? 0) && plain o
  | o => flags o =? 0
  end.

Lemma forallb_Forall_iff {A} (p : A -> bool) l : forallb p l = true <-> Forall (fun a => p a = true) l.
Proof. rewrite forallb_forall, Forall_forall. setoid_rewrite list_elem_of_In. done. Qed.

Lemma copy_plain o : plain o = true -> copy o = o.
Proof.
  induction o as [f|f r|f r|f r|f r|f v|f s|f l IH|f m IH|f k o IH] using Object_ind; simpl;
    intros H; try (apply Z.eqb_eq in H; by subst f).
  - apply andb_true_iff in H as [Hf Hl]. apply Z.eqb_eq in Hf. subst f. f_equal.
    apply forallb_Forall_iff in Hl. induction IH as [|a l Ha _ IHl]; [done|]. simpl.
    apply Forall_cons in Hl as [Hp Hl]. by rewrite Ha, IHl.
  - apply andb_true_iff in H as [Hf Hl]. apply Z.eqb_eq in Hf. subst f. f_equal.
    apply forallb_Forall_iff in Hl. induction IH as [|[k a] m Ha _ IHl]; [done|]. simpl in *.
    apply Forall_cons in Hl as [Hp Hl]. by rewrite Ha, IHl.
  - apply andb_true_iff in H as [Hf Ho]. apply Z.eqb_eq in Hf. subst f. by rewrite IH.
Qed.

Lemma copy_copy o : copy (copy o) = copy o.
Proof.
  assert (Hm : forall f, Z.land (Z.land f mask_public) mask_public = Z.land f mask_public)
    by (intros; by rewrite <- Z.land_assoc, Z.land_diag).
  induction o as [f|f r|f r|f r|f r|f v|f s|f l IH|f m IH|f k o IH] using Object_ind; simpl;
    rewrite Hm; try done; f_equal; try done; rewrite List.map_map; apply List.map_ext_in.
  - intros a Ha. apply list_elem_of_In in Ha. by apply (proj1 (Forall_forall _ _) IH).
  - intros [k a] Ha. apply list_elem_of_In in Ha. simpl. f_equal.
    by apply (proj1 (Forall_forall _ _) IH (k, a)).
Qed.

(** Merging a dictionary with an entry into one that has no key at or
    after that entry's key compares with the end of the map: the merge of any
    non-empty dictionary into an empty one does not return. *)
Theorem merge_copy_past_end (f : Z) (k : bytes) (v : Object) (m : map_type) :
  merge_copy create_map (TYPE_MAP f ((k, v) :: m)) flag_static_data (2 ^ 32 - 1) = UB.
Proof. reflexivity. Qed.

(** A raw integer and a raw list are also taken for raw maps, because the
    first character is compared with [>=]. *)
Theorem raw_map_accepts_others :
  is_raw_map [105; 53; 101] = true /\ is_raw_map [108; 101] = true /\
  (forall raw, is_raw_list raw = true -> is_raw_map raw = true).
Proof.
  split; [reflexivity|]. split; [reflexivity|]. intros raw. unfold is_raw_list, is_raw_map.
  intros H. bool_prop. apply andb_true_iff. split; apply Z.leb_le; lia.
Qed.

End Object.
