(* ===== verification/Bencode.v ===== *)
(** * The bencode reader (src/torrent/object_stream.cc)

    [object_read_bencode_c], the parser of everything that comes from the
    network and from torrent files, and [object_read_bencode_skip_c], the
    stack machine that steps over an object without building it.  The pair
    [(first, last)] of pointers is the list of the bytes that remain. *)

From S2P Require Import Prelude Object.

Module Bencode.
Import Object.

(** ** Integers and strings *)

Definition is_digit (c : Z) : bool := (48 <=? schar c) && (schar c <=? 57).

(** [while (first != last && digit) value = value * 10 + digit], where an
    [int64_t] that overflows is undefined. *)
Fixpoint value_loop (value : Z) (s : bytes) : res (Z * bytes) :=
  match s with
  | c :: s' =>
      if is_digit c then
        _ ← ub_when (2 ^ 63 <=? value * 10 + (c - 48));
        value_loop (value * 10 + (c - 48)) s'
      else Ok (value, s)
  | [] => Ok (value, s)
  end.

(** The new value of the [value] argument and the bytes from the returned pointer. *)
Definition object_read_bencode_c_value (s : bytes) (value : Z) : res (Z * bytes) :=
  match s with
  | [] => Ok (value, s)
  | c :: s' =>
      if c =? 45 then
        match s' with
        | [] => Ok (value, s)
        | d :: _ =>
            if (schar d <=? 48) || (57 <? schar d) then Ok (value, s)
            else '(v, r) ← value_loop 0 s'; Ok (- v, r)
        end
      else value_loop 0 s
  end.

(** The [unsigned int] length wraps. *)
Fixpoint length_loop (length : Z) (s : bytes) : Z * bytes :=
  match s with
  | c :: s' => if is_digit c then length_loop (u32 (length * 10 + (c - 48))) s' else (length, s)
  | [] => (length, s)
  end.

(** The string and the bytes after it. *)
Definition object_read_bencode_c_string (s : bytes) : res (bytes * bytes) :=
  let '(length, r) := length_loop (Z.shiftl 1 31) s in
  if (u32 (zlen r) <? u32 (length + 1)) || (u32 (length + 1) =? 0) then Throw bencode_error
  else
    match r with
    | [] => UB
    | c :: r =>
        if c =? 58 then Ok (take (Z.to_nat length) r, drop (Z.to_nat length) r)
        else Throw bencode_error
    end.

(** ** The recursive reader

    [emplace_back] copies the elements of a vector that has no room left;
    [reallocates n] is the allocator's policy for a vector of [n] elements. *)

Section Reader.
Variable reallocates : nat -> bool.

Definition emplace_back (l : list Object) (o : Object) : list Object :=
  (if reallocates (length l) then List.map copy l else l) ++ [o].

Definition inherit_unordered (o value : Object) : Object :=
  if has_flags value flag_unordered then set_internal_flags o flag_unordered else o.

Definition list_append (o obj : Object) : Object :=
  inherit_unordered
    (match o with TYPE_LIST f l => TYPE_LIST f (emplace_back l obj) | o => o end) obj.

(** [str <= prev && !object->as_map().empty()] *)
Definition mark_key (o : Object) (str prev : bytes) : Object :=
  match o with
  | TYPE_MAP f m =>
      if str_le str prev && negb (match m with [] => true | _ => false end)
      then set_internal_flags o flag_unordered else o
  | o => o
  end.

Definition map_store (o : Object) (str : bytes) (value : Object) : Object :=
  inherit_unordered
    (match o with TYPE_MAP f m => TYPE_MAP f (map_assign str value m) | o => o end) value.

(** The object and the bytes from the returned pointer.  Each call and each
    round of a loop takes one unit of fuel. *)
Fixpoint read_c (fuel : nat) (depth : Z) (s : bytes) : res (Object * bytes) :=
  match fuel with
  | O => UB
  | S fuel =>
      match s with
      | [] => Throw bencode_error
      | c :: s' =>
          if c =? 105 then
            '(v, r) ← object_read_bencode_c_value s' 0;
            match r with
            | e :: r' => if e =? 101 then Ok (TYPE_VALUE 0 v, r') else Throw bencode_error
            | [] => Throw bencode_error
            end
          else if c =? 108 then
            if 1024 <=? u32 (depth + 1) then Throw bencode_error
            else read_list fuel (u32 (depth + 1)) create_list s'
          else if c =? 100 then
            if 1024 <=? u32 (depth + 1) then Throw bencode_error
            else read_dict fuel (u32 (depth + 1)) create_map [] s'
          else if (schar c <? 48) || (57 <? schar c) then Throw bencode_error
          else '(str, r) ← object_read_bencode_c_string s; Ok (TYPE_STRING 0 str, r)
      end
  end
with read_list (fuel : nat) (depth : Z) (o : Object) (s : bytes) : res (Object * bytes) :=
  match fuel with
  | O => UB
  | S fuel =>
      match s with
      | [] => Throw bencode_error
      | c :: s' =>
          if c =? 101 then Ok (o, s')
          else
            '(obj, r) ← read_c fuel depth s;
            read_list fuel depth (list_append o obj) r
      end
  end
with read_dict (fuel : nat) (depth : Z) (o : Object) (prev : bytes) (s : bytes)
    : res (Object * bytes) :=
  match fuel with
  | O => UB
  | S fuel =>
      match s with
      | [] => Throw bencode_error
      | c :: s' =>
          if c =? 101 then Ok (o, s')
          else
            '(str, r) ← object_read_bencode_c_string s;
            '(value, r) ← read_c fuel depth r;
            read_dict fuel depth (map_store (mark_key o str prev) str value) str r
      end
  end.

(** Enough for every input of this length: see [reader_total]. *)
Definition read_fuel (s : bytes) : nat := (2 * length s + 1)%nat.

Definition object_read_bencode_c (s : bytes) (depth : Z) : res (Object * bytes) :=
  read_c (read_fuel s) depth s.

(** [object_create_normal] of raw bencode, a raw list and a raw map. *)
Definition create_normal_bencode (raw : bytes) : res Object :=
  '(o, r) ← object_read_bencode_c raw 128;
  _ ← throw_when (negb (zlen r =? 0)) bencode_error;
  Ok o.

Fixpoint normal_list (fuel : nat) (result : Object) (s : bytes) : res Object :=
  match s with
  | [] => Ok result
  | _ =>
      match fuel with
      | O => UB
      | S fuel =>
          '(entry, r) ← object_read_bencode_c s 128;
          normal_list fuel (list_append result entry) r
      end
  end.

Definition create_normal_list (raw : bytes) : res Object :=
  normal_list (length raw) create_list raw.

Fixpoint normal_map (fuel : nat) (result : Object) (prev : bytes) (s : bytes) : res Object :=
  match s with
  | [] => Ok result
  | _ =>
      match fuel with
      | O => UB
      | S fuel =>
          '(str, r) ← object_read_bencode_c_string s;
          '(value, r) ← object_read_bencode_c r 128;
          normal_map fuel (map_store (mark_key result str prev) str value) str r
      end
  end.

Definition create_normal_map (raw : bytes) : res Object :=
  normal_map (length raw) create_map [] raw.

End Reader.

(** ** The skipping stack machine

    [stack] holds, from the current entry down, whether each open container is
    a dictionary; the bottom entry [stack[0]], which is 0, is left out. *)

Definition on_dict (stack : list bool) : bool := match stack with b :: _ => b | [] => false end.

(** [std::find_if(first, last, &object_is_not_digit)] *)
Definition skip_digits (s : bytes) : bytes := snd (find_split (fun c => negb (is_digit c)) s).

Definition skip_value (s : bytes) : res bytes :=
  s ← (match s with
       | [] => Throw bencode_error
       | c :: s' =>
           if c =? 45 then
             match s' with
             | [] => Throw bencode_error
             | d :: _ => if d =? 48 then Throw bencode_error else Ok s'
             end
           else Ok s
       end);
  match skip_digits s with
  | e :: r => if e =? 101 then Ok r else Throw bencode_error
  | [] => Throw bencode_error
  end.

Definition skip_string (s : bytes) : res bytes :=
  '(_, r) ← object_read_bencode_c_string s; Ok r.

Fixpoint skip_loop (fuel : nat) (stack : list bool) (s : bytes) : res bytes :=
  match fuel with
  | O => UB
  | S fuel =>
      match s with
      | [] => Throw bencode_error
      | c :: s' =>
          if c =? 101 then
            match stack with
            | [] => Throw bencode_error
            | _ :: stack =>
                match stack with
                | [] => Ok s'
                | _ => skip_loop fuel stack s'
                end
            end
          else
            s ← (if on_dict stack then skip_string s else Ok s);
            match s with
            | [] => Throw bencode_error
            | c :: s' =>
                if (c =? 108) || (c =? 100) then
                  if zlen stack + 1 =? 128 then Throw bencode_error
                  else skip_loop fuel ((c =? 100) :: stack) s'
                else
                  r ← (if c =? 105 then skip_value s' else skip_string s);
                  match stack with
                  | [] => Ok r
                  | _ => skip_loop fuel stack r
                  end
            end
      end
  end.

Definition object_read_bencode_skip_c (s : bytes) : res bytes :=
  skip_loop (S (length s)) [] s.

(** [object_read_bencode_raw_c]: the raw view of the skipped bytes, kept only
    when it has the type the key asks for; [old] is what the entry held. *)
Definition object_read_bencode_raw_c (s : bytes) (old : Object) (ty : Z) : res (Object * bytes) :=
  r ← object_read_bencode_skip_c s;
  let obj := take (length s - length r) s in
  o ← (if ty =? 83 then
         if is_raw_string obj then v ← as_raw_string obj; Ok (TYPE_RAW_STRING 0 v) else Ok old
       else if ty =? 76 then
         if is_raw_list obj then v ← as_raw_list obj; Ok (TYPE_RAW_LIST 0 v) else Ok old
       else if ty =? 77 then
         if is_raw_map obj then v ← as_raw_map obj; Ok (TYPE_RAW_MAP 0 v) else Ok old
       else Ok (TYPE_RAW_BENCODE 0 obj));
  Ok (o, r).

(** ** What the reader is meant to accept

    [tree] is a bencoded value as it is written: a dictionary is the sequence
    of its entries, in any order and with any repetition.  [encode] is the
    format, [denote] the object it stands for (a later entry replaces an
    earlier one of the same key), [ordered] says that the keys of every
    dictionary are strictly increasing. *)

#[local] Unset Elimination Schemes.
Inductive tree :=
  | TInt (v : Z)
  | TStr (s : bytes)
  | TLst (l : list tree)
  | TDct (m : list (bytes * tree)).

Section tree_ind.
  Variable P : tree -> Prop.
  Hypothesis Pint : forall v, P (TInt v).
  Hypothesis Pstr : forall s, P (TStr s).
  Hypothesis Plst : forall l, Forall P l -> P (TLst l).
  Hypothesis Pdct : forall m, Forall (fun kv => P kv.2) m -> P (TDct m).

Fixpoint tree_ind (t : tree) : P t :=
  match t with
  | TInt v => Pint v
  | TStr s => Pstr s
  | TLst l =>
      Plst l ((fix go (l : list tree) : Forall P l :=
        match l with
        | [] => List.Forall_nil P
        | a :: l => @List.Forall_cons _ P a l (tree_ind a) (go l)
        end) l)
  | TDct m =>
      Pdct m ((fix go (m : list (bytes * tree)) : Forall (fun kv => P kv.2) m :=
        match m with
        | [] => List.Forall_nil _
        | a :: m => @List.Forall_cons _ (fun kv => P kv.2) a m (tree_ind a.2) (go m)
        end) m)
  end.
End tree_ind.

(** The digits of a positive number, least significant first pushed last. *)
Fixpoint digits (n : nat) (value : Z) (acc : bytes) : bytes :=
  match n with
  | O => acc
  | S n => if value =? 0 then acc else digits n (value / 10) ((48 + value mod 10) :: acc)
  end.

(** Canonical decimal notation of a 64-bit integer. *)
Definition decimal (v : Z) : bytes :=
  if v =? 0 then [48] else if v <? 0 then 45 :: digits 20 (- v) [] else digits 20 v [].

Definition encode_string (s : bytes) : bytes := decimal (zlen s) ++ 58 :: s.

Fixpoint encode (t : tree) : bytes :=
  match t with
  | TInt v => 105 :: decimal v ++ [101]
  | TStr s => encode_string s
  | TLst l => 108 :: concat (List.map encode l) ++ [101]
  | TDct m => 100 :: concat (List.map (fun kv => encode_string (fst kv) ++ encode (snd kv)) m) ++ [101]
  end.

Fixpoint denote (t : tree) : Object :=
  match t with
  | TInt v => TYPE_VALUE 0 v
  | TStr s => TYPE_STRING 0 s
  | TLst l => TYPE_LIST 0 (List.map denote l)
  | TDct m =>
      TYPE_MAP 0 (foldl (fun acc kv => map_assign (fst kv) (snd kv) acc) []
        (List.map (fun kv => (fst kv, denote (snd kv))) m))
  end.

Fixpoint increasing (ks : list bytes) : bool :=
  match ks with
  | [] => true
  | k1 :: r => match r with k2 :: _ => str_lt k1 k2 | [] => true end && increasing r
  end.

Fixpoint ordered (t : tree) : bool :=
  match t with
  | TInt _ | TStr _ => true
  | TLst l => forallb ordered l
  | TDct m => increasing (List.map fst m) && forallb (fun kv => ordered (snd kv)) m
  end.

Fixpoint height (t : tree) : Z :=
  match t with
  | TInt _ | TStr _ => 0
  | TLst l => 1 + foldr Z.max 0 (List.map height l)
  | TDct m => 1 + foldr Z.max 0 (List.map (fun kv => height (snd kv)) m)
  end.

(** Every integer is one the reader can negate. *)
Fixpoint ints_ok (t : tree) : bool :=
  match t with
  | TInt v => (- 2 ^ 63 <? v) && (v <? 2 ^ 63)
  | TStr _ => true
  | TLst l => forallb ints_ok l
  | TDct m => forallb (fun kv => ints_ok (snd kv)) m
  end.

(** ** Numbers *)

Definition horner (a : Z) (ds : bytes) : Z := foldl (fun a c => a * 10 + (c - 48)) a ds.
Definition digit (c : Z) : Prop := 48 <= c <= 57.

Lemma is_digit_true c : digit c -> is_digit c = true.
Proof.
  unfold digit, is_digit, schar. intros. rewrite (proj2 (Z.ltb_lt c 128)) by lia.
  apply andb_true_iff. split; apply Z.leb_le; lia.
Qed.

Lemma horner_le a ds : 0 <= a -> Forall digit ds -> a <= horner a ds.
Proof.
  intros Ha Hd. revert a Ha. induction Hd as [|c ds Hc _ IH]; intros a Ha; [simpl; lia|].
  change (a <= horner (a * 10 + (c - 48)) ds).
  unfold digit in Hc. specialize (IH (a * 10 + (c - 48)) ltac:(lia)). lia.
Qed.

Lemma value_loop_digits a ds r : 0 <= a -> Forall digit ds -> horner a ds < 2 ^ 63 ->
  match r with c :: _ => is_digit c = false | [] => True end ->
  value_loop a (ds ++ r) = Ok (horner a ds, r).
Proof.
  intros Ha Hd. revert a Ha. induction Hd as [|c ds Hc Hds IH]; intros a Ha Hh Hr.
  - destruct r as [|c r]; simpl; [done|]. by rewrite Hr.
  - cbn [app value_loop]. rewrite is_digit_true by done. unfold digit in Hc.
    cbn [horner foldl] in Hh. fold (horner (a * 10 + (c - 48)) ds) in Hh.
    pose proof (horner_le (a * 10 + (c - 48)) ds ltac:(lia) Hds).
    rewrite (proj2 (Z.leb_gt (2 ^ 63) (a * 10 + (c - 48)))) by lia. res_simpl.
    rewrite IH by (done || lia). done.
Qed.

Lemma length_loop_digits a ds r : Forall digit ds ->
  match r with c :: _ => is_digit c = false | [] => True end -> 0 <= a < 2 ^ 32 ->
  length_loop a (ds ++ r) = (u32 (horner a ds), r).
Proof.
  intros Hd Hr. revert a. induction Hd as [|c ds Hc Hds IH]; intros a Ha.
  - unfold horner. simpl foldl. rewrite u32_small by done.
    destruct r as [|c r]; simpl; [done|]. by rewrite Hr.
  - cbn [app length_loop]. rewrite is_digit_true by done. rewrite IH by apply u32_range.
    f_equal. cbn [horner foldl]. fold (horner (a * 10 + (c - 48)) ds).
    generalize (a * 10 + (c - 48)). clear. intros x. unfold u32, horner.
    revert x. induction ds as [|d ds IH]; intros x; [simpl; by rewrite Z.mod_mod|].
    cbn [foldl]. rewrite <- IH, <- (IH (x * 10 + (d - 48))). f_equal. f_equal.
    rewrite <- Zplus_mod_idemp_l, Zmult_mod_idemp_l, Zplus_mod_idemp_l. done.
Qed.

Lemma digits_horner n v acc : 0 <= v < 10 ^ Z.of_nat n -> horner 0 (digits n v acc) = horner v acc.
Proof.
  revert v acc. induction n as [|n IH]; intros v acc Hv.
  - simpl in *. by assert (v = 0) as -> by lia.
  - cbn [digits]. destruct (Z.eqb_spec v 0) as [->|Hne]; [done|].
    rewrite Nat2Z.inj_succ, Z.pow_succ_r in Hv by lia.
    rewrite IH by (split; [apply Z.div_pos; lia|apply Z.div_lt_upper_bound; lia]).
    change (horner (v / 10 * 10 + (48 + v mod 10 - 48)) acc = horner v acc). f_equal.
    pose proof (Z.div_mod v 10). lia.
Qed.

Lemma digits_digit n v acc : 0 <= v -> Forall digit acc -> Forall digit (digits n v acc).
Proof.
  revert v acc. induction n as [|n IH]; intros v acc Hv Ha; cbn [digits]; [done|].
  destruct (v =? 0); [done|]. apply IH; [apply Z.div_pos; lia|]. apply Forall_cons_2; [|done].
  unfold digit. pose proof (Z.mod_pos_bound v 10). lia.
Qed.

Lemma digits_head n v acc : 0 < v < 10 ^ Z.of_nat n ->
  exists d r, digits n v acc = d :: r /\ 48 < d <= 57.
Proof.
  revert v acc. induction n as [|n IH]; intros v acc Hv; [simpl in Hv; lia|].
  cbn [digits]. rewrite (proj2 (Z.eqb_neq v 0)) by lia.
  rewrite Nat2Z.inj_succ, Z.pow_succ_r in Hv by lia. destruct (Z.eq_dec (v / 10) 0) as [E|E].
  - rewrite E. pose proof (Z.div_mod v 10 ltac:(lia)). pose proof (Z.mod_pos_bound v 10 ltac:(lia)).
    destruct n; simpl; do 2 eexists; (split; [reflexivity|lia]).
  - apply IH. split; [|apply Z.div_lt_upper_bound; lia].
    pose proof (Z.div_pos v 10 ltac:(lia) ltac:(lia)). lia.
Qed.

Lemma decimal_nonneg v : 0 <= v < 2 ^ 64 ->
  Forall digit (decimal v) /\ horner 0 (decimal v) = v /\ decimal v <> [].
Proof.
  intros Hv. unfold decimal. destruct (Z.eqb_spec v 0) as [->|Hne].
  - split; [|done]. apply Forall_cons_2; [unfold digit; lia|done].
  - rewrite (proj2 (Z.ltb_ge v 0)) by lia.
    assert (H64 : v < 10 ^ Z.of_nat 20) by (change (10 ^ Z.of_nat 20) with 100000000000000000000; lia).
    split; [by apply digits_digit; [lia|]|]. split; [by rewrite digits_horner by lia|].
    destruct (digits_head 20 v []) as (d & r & -> & _); [lia|done].
Qed.

Lemma read_value v rest : - 2 ^ 63 < v < 2 ^ 63 ->
  object_read_bencode_c_value (decimal v ++ 101 :: rest) 0 = Ok (v, 101 :: rest).
Proof.
  intros Hv. destruct (Z.lt_ge_cases v 0) as [Hneg|Hpos].
  - unfold decimal. rewrite (proj2 (Z.eqb_neq v 0)), (proj2 (Z.ltb_lt v 0)) by lia.
    assert (H64 : - v < 10 ^ Z.of_nat 20) by (change (10 ^ Z.of_nat 20) with 100000000000000000000; lia).
    pose proof (digits_digit 20 (- v) [] ltac:(lia) (Forall_nil_2 _)) as Hd.
    pose proof (digits_horner 20 (- v) [] ltac:(lia)) as Hh.
    destruct (digits_head 20 (- v) []) as (d & r & E & Hd1); [lia|]. rewrite E in *.
    cbn [app object_read_bencode_c_value]. cbn [Z.eqb Pos.eqb].
    unfold schar. rewrite (proj2 (Z.ltb_lt d 128)), (proj2 (Z.leb_gt d 48)), (proj2 (Z.ltb_ge 57 d)) by lia.
    cbn [orb]. rewrite app_comm_cons, value_loop_digits; [|lia|done|rewrite Hh; simpl; lia|done].
    res_simpl. rewrite Hh. simpl. f_equal. f_equal. lia.
  - destruct (decimal_nonneg v) as (Hd & Hh & Hn); [lia|].
    destruct (decimal v) as [|d r] eqn:E; [done|]. pose proof (Forall_inv Hd) as Hd1. unfold digit in Hd1.
    unfold object_read_bencode_c_value. cbn [app]. rewrite (proj2 (Z.eqb_neq d 45)) by lia.
    rewrite app_comm_cons, value_loop_digits; [by rewrite Hh|lia|done|lia|done].
Qed.

Lemma horner_shift a ds : horner a ds = a * 10 ^ zlen ds + horner 0 ds.
Proof.
  unfold horner. revert a. induction ds as [|d ds IH]; intros a.
  - change (zlen (@nil Z)) with 0. simpl. lia.
  - cbn [foldl]. rewrite IH, (IH (0 * 10 + (d - 48))).
    replace (zlen (d :: ds)) with (Z.succ (zlen ds)) by (unfold zlen; simpl; lia).
    rewrite Z.pow_succ_r by apply zlen_nonneg. lia.
Qed.

Lemma read_string str rest : zlen str + zlen rest < 2 ^ 32 - 1 ->
  object_read_bencode_c_string (encode_string str ++ rest) = Ok (str, rest).
Proof.
  intros Hl. pose proof (zlen_nonneg str). pose proof (zlen_nonneg rest).
  destruct (decimal_nonneg (zlen str)) as (Hd & Hh & Hn); [lia|].
  unfold object_read_bencode_c_string, encode_string. rewrite <- app_assoc. cbn [app].
  rewrite length_loop_digits by (done || (split; done)).
  assert (u32 (horner (Z.shiftl 1 31) (decimal (zlen str))) = zlen str) as ->.
  { rewrite horner_shift, Hh. destruct (decimal (zlen str)) as [|d r] eqn:E; [done|].
    replace (zlen (d :: r)) with (Z.succ (zlen r)) by (unfold zlen; simpl; lia).
    rewrite Z.pow_succ_r by apply zlen_nonneg. change (Z.shiftl 1 31) with (2 ^ 31).
    replace (2 ^ 31 * (10 * 10 ^ zlen r) + zlen str) with (zlen str + (5 * 10 ^ zlen r) * 2 ^ 32) by lia.
    unfold u32. rewrite Z.mod_add by lia. apply Z.mod_small. lia. }
  assert (Hz : zlen (58 :: str ++ rest) = 1 + zlen str + zlen rest)
    by (unfold zlen; simpl; rewrite length_app; lia).
  rewrite Hz. width. rewrite (proj2 (Z.ltb_ge (1 + zlen str + zlen rest) (zlen str + 1))) by lia.
  rewrite (proj2 (Z.eqb_neq (zlen str + 1) 0)) by lia. cbn [orb Z.eqb Pos.eqb].
  unfold zlen. rewrite Nat2Z.id, take_app_length, drop_app_length. done.
Qed.

(** ** The reader on an encoded tree *)

Section ReaderSpec.
Variable reallocates : nat -> bool.

Definition entries_enc (m : list (bytes * tree)) : bytes :=
  concat (List.map (fun kv => encode_string (fst kv) ++ encode (snd kv)) m).
Definition entries_denote (m : list (bytes * tree)) : map_type :=
  List.map (fun kv => (fst kv, denote (snd kv))) m.
Definition assign_all (acc : map_type) (m : map_type) : map_type :=
  foldl (fun acc kv => map_assign (fst kv) (snd kv) acc) acc m.
Definition copy_entries (m : map_type) : map_type :=
  List.map (fun kv => (fst kv, copy (snd kv))) m.
Definition unordered_unless (b : bool) : Z := if b then 0 else flag_unordered.

(** What a call of the reader gives for [t] with [rest] after it. *)
Definition reads (t : tree) (rest : bytes) (r : res (Object * bytes)) : Prop :=
  exists o, r = Ok (o, rest) /\ copy o = denote t /\
    flags o = unordered_unless (ordered t) /\ (ordered t = true -> copy o = o).

Definition read_c_ok (t : tree) : Prop := forall fuel depth rest,
  (2 * length (encode t) + 1 <= fuel)%nat -> 0 <= depth -> depth + height t < 1024 ->
  ints_ok t = true -> zlen (encode t) + zlen rest < 2 ^ 32 ->
  reads t rest (read_c reallocates fuel depth (encode t ++ rest)).

Lemma decimal_zlen_cons (s : bytes) : zlen s < 2 ^ 64 ->
  exists d r, decimal (zlen s) = d :: r /\ digit d.
Proof.
  intros H. pose proof (zlen_nonneg s). destruct (decimal_nonneg (zlen s)) as (Hd & _ & Hn); [lia|].
  destruct (decimal (zlen s)) as [|d r]; [done|]. exists d, r. split; [done|]. by inversion Hd.
Qed.

Lemma zlen_app {A} (a b : list A) : zlen (a ++ b) = zlen a + zlen b.
Proof. unfold zlen. rewrite length_app. lia. Qed.

Lemma zlen_cons {A} (a : A) l : zlen (a :: l) = 1 + zlen l.
Proof. unfold zlen. simpl. lia. Qed.

Lemma zlen_encode_string s : zlen s + 1 <= zlen (encode_string s).
Proof.
  unfold encode_string. rewrite zlen_app, zlen_cons. pose proof (zlen_nonneg (decimal (zlen s))). lia.
Qed.

(** The first byte of an encoded value does not end a container. *)
Lemma encode_head t : zlen (encode t) < 2 ^ 32 ->
  exists c r, encode t = c :: r /\ c <> 101.
Proof.
  destruct t as [v|s|l|m]; simpl; intros Hl; try (do 2 eexists; split; [reflexivity|lia]).
  pose proof (zlen_encode_string s). destruct (decimal_zlen_cons s) as (d & r & E & Hd); [lia|].
  unfold encode_string. rewrite E. exists d, (r ++ 58 :: s). split; [done|]. unfold digit in Hd. lia.
Qed.

Lemma has_unordered b : negb (Z.land (unordered_unless b) flag_unordered =? 0) = negb b.
Proof. by destruct b. Qed.

Lemma inherit_flags o v b b' : flags o = unordered_unless b -> flags v = unordered_unless b' ->
  inherit_unordered o v = with_flags o (unordered_unless (b && b')).
Proof.
  intros Ho Hv. unfold inherit_unordered, has_flags. rewrite Hv, has_unordered.
  destruct b'; simpl; rewrite ?andb_true_r, ?andb_false_r.
  - rewrite <- Ho. by destruct o.
  - unfold set_internal_flags. rewrite Ho. by destruct b.
Qed.

Lemma read_list_ok l : Forall read_c_ok l -> forall fuel depth acc b rest,
  (2 * length (concat (List.map encode l)) + 2 <= fuel)%nat -> 0 <= depth ->
  Forall (fun t => depth + height t < 1024) l -> forallb ints_ok l = true ->
  zlen (concat (List.map encode l)) + 1 + zlen rest < 2 ^ 32 ->
  exists acc', read_list reallocates fuel depth (TYPE_LIST (unordered_unless b) acc)
      (concat (List.map encode l) ++ 101 :: rest) =
      Ok (TYPE_LIST (unordered_unless (b && forallb ordered l)) acc', rest) /\
    List.map copy acc' = List.map copy acc ++ List.map denote l /\
    (forallb ordered l = true -> List.map copy acc = acc -> List.map copy acc' = acc').
Proof.
  induction 1 as [|t l Ht _ IH]; intros fuel depth acc b rest Hf Hd Hh Hi Hz.
  - destruct fuel as [|fuel]; [simpl in Hf; lia|]. exists acc. simpl.
    by rewrite andb_true_r, app_nil_r.
  - cbn [List.map concat forallb] in *. apply andb_true_iff in Hi as [Hi1 Hi2].
    apply Forall_cons in Hh as [Hh1 Hh2]. rewrite length_app in Hf. rewrite zlen_app in Hz.
    pose proof (zlen_nonneg (concat (List.map encode l))). pose proof (zlen_nonneg rest).
    pose proof (zlen_nonneg (encode t)).
    destruct (encode_head t) as (c & r & E & Hc); [lia|].
    destruct fuel as [|fuel]; [lia|].
    assert (Hlen : (1 <= length (encode t))%nat) by (rewrite E; simpl; lia).
    destruct (Ht fuel depth (concat (List.map encode l) ++ 101 :: rest)) as (o & Hr & Hden & Hfl & Hfix);
      [lia|done|done|done|rewrite zlen_app, zlen_cons; lia|].
    rewrite <- app_assoc. rewrite E in *. cbn [app read_list] in *.
    rewrite (proj2 (Z.eqb_neq c 101)) by done. rewrite Hr. res_simpl.
    unfold list_append. rewrite (inherit_flags _ _ b (ordered t)) by done. cbn [with_flags].
    destruct (IH fuel depth (emplace_back reallocates acc o) (b && ordered t) rest)
      as (acc' & Hr' & Hm & Hf'); [simpl in Hlen, Hf; lia|done|done|done|lia|].
    exists acc'. rewrite Hr', <- andb_assoc. split; [done|].
    assert (He : List.map copy (emplace_back reallocates acc o) = List.map copy acc ++ [denote t]).
    { unfold emplace_back. rewrite List.map_app. simpl. rewrite Hden.
      destruct (reallocates (length acc)); [|done]. rewrite List.map_map. f_equal.
      apply List.map_ext. intros. apply copy_copy. }
    split; [by rewrite Hm, He, <- app_assoc|].
    intros Ho Hacc. apply andb_true_iff in Ho as [Ho1 Ho2]. apply Hf'; [done|].
    rewrite He, Hacc, <- Hden, (Hfix Ho1). unfold emplace_back. rewrite Hacc.
    by destruct (reallocates (length acc)).
Qed.

Lemma copy_entries_assign k v m :
  copy_entries (map_assign k v m) = map_assign k (copy v) (copy_entries m).
Proof.
  induction m as [|[k' v'] m IH]; simpl; [done|].
  destruct (str_lt k k'); [done|]. destruct (str_eqb k k'); [done|]. simpl. by rewrite IH.
Qed.

(** The keys from [prev] on, when the map already has an entry. *)
Definition keys_ok (some : bool) (prev : bytes) (m : list (bytes * tree)) : bool :=
  if some then increasing (prev :: List.map fst m) else increasing (List.map fst m).

Lemma keys_ok_cons some prev k t m : keys_ok some prev ((k, t) :: m) =
  negb (str_le k prev && some) && keys_ok true k m.
Proof.
  unfold keys_ok, str_le. simpl. destruct some; simpl; rewrite ?andb_false_r; [|done].
  by rewrite andb_true_r, negb_involutive.
Qed.

Lemma mark_key_flags b m k prev : mark_key (TYPE_MAP (unordered_unless b) m) k prev =
  TYPE_MAP (unordered_unless (b && negb (str_le k prev && negb (match m with [] => true | _ => false end)))) m.
Proof.
  unfold mark_key. destruct (str_le k prev && _); simpl; rewrite ?andb_true_r; [|done].
  by destruct b.
Qed.

Lemma map_assign_nonempty k v m : match map_assign k v m with [] => true | _ => false end = false.
Proof. destruct m as [|[k' v'] m]; simpl; [done|]. destruct (str_lt k k'); [done|]. by destruct (str_eqb k k'). Qed.

Lemma read_dict_ok m : Forall (fun kv => read_c_ok kv.2) m -> forall fuel depth acc b prev rest,
  (2 * length (entries_enc m) + 2 <= fuel)%nat -> 0 <= depth ->
  Forall (fun kv => depth + height kv.2 < 1024) m ->
  forallb (fun kv => ints_ok (snd kv)) m = true ->
  zlen (entries_enc m) + 1 + zlen rest < 2 ^ 32 ->
  let ok := keys_ok (negb (match acc with [] => true | _ => false end)) prev m &&
            forallb (fun kv => ordered (snd kv)) m in
  exists acc', read_dict reallocates fuel depth (TYPE_MAP (unordered_unless b) acc) prev
      (entries_enc m ++ 101 :: rest) = Ok (TYPE_MAP (unordered_unless (b && ok)) acc', rest) /\
    copy_entries acc' = assign_all (copy_entries acc) (entries_denote m) /\
    (ok = true -> copy_entries acc = acc -> copy_entries acc' = acc').
Proof.
  induction 1 as [|[k t] m Ht _ IH]; intros fuel depth acc b prev rest Hf Hd Hh Hi Hz; cbv zeta.
  - destruct fuel as [|fuel]; [simpl in Hf; lia|]. exists acc. simpl. unfold keys_ok. simpl.
    destruct acc; simpl; by rewrite andb_true_r.
  - unfold entries_enc in *. cbn [List.map concat forallb fst snd] in *.
    fold (entries_enc m) in *. simpl in Ht.
    apply andb_true_iff in Hi as [Hi1 Hi2]. apply Forall_cons in Hh as [Hh1 Hh2]. simpl in Hh1.
    rewrite !length_app in Hf. rewrite !zlen_app in Hz.
    pose proof (zlen_nonneg (entries_enc m)). pose proof (zlen_nonneg rest).
    pose proof (zlen_nonneg (encode t)). pose proof (zlen_nonneg (encode_string k)).
    pose proof (zlen_encode_string k) as Hk.
    destruct (encode_head (TStr k)) as (c & r & E & Hc); [simpl; lia|]. simpl in E.
    destruct fuel as [|fuel]; [lia|].
    assert (Hlen : (1 <= length (encode_string k))%nat) by (rewrite E; simpl; lia).
    destruct (Ht fuel depth (entries_enc m ++ 101 :: rest)) as (o & Hr & Hden & Hfl & Hfix);
      [lia|done|done|done|rewrite zlen_app, zlen_cons; lia|].
    pose proof (read_string k (encode t ++ entries_enc m ++ 101 :: rest)) as Hs.
    rewrite !zlen_app, zlen_cons in Hs. specialize (Hs ltac:(lia)).
    rewrite <- !app_assoc. rewrite E in Hs |- *. cbn [app read_dict] in *.
    rewrite (proj2 (Z.eqb_neq c 101)) by done. rewrite Hs. res_simpl. rewrite Hr. res_simpl.
    rewrite mark_key_flags. unfold map_store.
    erewrite (inherit_flags _ _ _ (ordered t)) by done. cbn [with_flags].
    set (b1 := b && _ && ordered t).
    destruct (IH fuel depth (map_assign k o acc) b1 k rest) as (acc' & Hr' & Hm & Hf');
      [lia|done|done|done|lia|]. exists acc'. rewrite Hr'.
    rewrite keys_ok_cons, map_assign_nonempty. split; [|split].
    + f_equal. f_equal. f_equal. f_equal. subst b1. cbn [negb].
      generalize (keys_ok true k m). intros b3. generalize (negb (str_le k prev && negb (match acc with [] => true | _ => false end))).
      intros b4. generalize (forallb (fun kv : bytes * tree => ordered kv.2) m). intros b5.
      by destruct b, b4, (ordered t), b3, b5.
    + rewrite Hm, copy_entries_assign, Hden. done.
    + intros Ho Hacc. apply andb_true_iff in Ho as [Ho1 Ho2].
      apply andb_true_iff in Ho1 as [_ Ho1]. apply andb_true_iff in Ho2 as [Ho2 Ho3].
      apply Hf'; [rewrite map_assign_nonempty; cbn [negb]; by rewrite Ho1, Ho3|].
      by rewrite copy_entries_assign, Hacc, (Hfix Ho2).
Qed.

Lemma heights depth hs : 0 <= depth -> depth + (1 + foldr Z.max 0 hs) < 1024 ->
  Forall (fun h => u32 (depth + 1) + h < 1024) hs /\ u32 (depth + 1) = depth + 1 /\ depth + 1 < 1024.
Proof.
  intros Hd Hh. assert (0 <= foldr Z.max 0 hs) by (clear; induction hs; simpl; lia).
  rewrite u32_small by lia. split; [|lia].
  assert (Hb : forall b, foldr Z.max 0 hs <= b -> Forall (fun h => h <= b) hs).
  { clear. induction hs as [|h hs IH]; intros b Hb; [done|]. simpl in Hb.
    apply Forall_cons_2; [lia|]. apply IH. lia. }
  eapply Forall_impl; [apply (Hb (foldr Z.max 0 hs)); lia|]. simpl. lia.
Qed.

Lemma read_c_encode t : read_c_ok t.
Proof.
  induction t as [v|s|l IH|m IH] using tree_ind; intros fuel depth rest Hf Hd Hh Hi Hz;
    (destruct fuel as [|fuel]; [lia|]); unfold reads; cbn [encode] in *.
  - simpl in Hi. bool_prop. rewrite <- app_comm_cons, <- app_assoc. cbn [app read_c Z.eqb Pos.eqb].
    rewrite read_value by lia. res_simpl. cbn [Z.eqb Pos.eqb]. eexists. by split.
  - pose proof (zlen_nonneg rest). pose proof (zlen_encode_string s).
    destruct (decimal_zlen_cons s) as (d & r & E & Hd1); [lia|].
    pose proof (read_string s rest ltac:(lia)) as Hs.
    unfold encode_string in Hs |- *. rewrite E in Hs |- *. unfold digit in Hd1.
    cbn [app read_c] in *.
    rewrite (proj2 (Z.eqb_neq d 105)), (proj2 (Z.eqb_neq d 108)), (proj2 (Z.eqb_neq d 100)) by lia.
    unfold schar. rewrite (proj2 (Z.ltb_lt d 128)), (proj2 (Z.ltb_ge d 48)), (proj2 (Z.ltb_ge 57 d)) by lia.
    cbn [orb]. rewrite Hs. res_simpl. eexists. by split.
  - cbn [height ints_ok] in *. destruct (heights _ _ Hd Hh) as (Hhs & Eu & Hlt).
    rewrite <- app_comm_cons, <- app_assoc. cbn [app read_c Z.eqb Pos.eqb].
    rewrite (proj2 (Z.leb_gt 1024 (u32 (depth + 1)))) by lia.
    simpl in Hf. rewrite length_app in Hf. rewrite zlen_cons, zlen_app in Hz. simpl in Hf.
    change (zlen [101]) with 1 in Hz.
    destruct (read_list_ok l IH fuel (u32 (depth + 1)) [] true rest) as (acc' & Hr & Hm & Hfx);
      [lia|lia|by apply Forall_fmap in Hhs|done|lia|].
    change create_list with (TYPE_LIST (unordered_unless true) []). rewrite Hr.
    eexists. split; [reflexivity|]. split; [simpl; rewrite Hm; by destruct (forallb ordered l)|].
    split; [done|]. cbn [ordered]. intros Ho. rewrite Ho. simpl. f_equal. by apply Hfx.
  - cbn [height ints_ok] in *. destruct (heights _ _ Hd Hh) as (Hhs & Eu & Hlt).
    rewrite <- app_comm_cons, <- app_assoc. cbn [app read_c Z.eqb Pos.eqb].
    rewrite (proj2 (Z.leb_gt 1024 (u32 (depth + 1)))) by lia. fold (entries_enc m) in *.
    simpl in Hf. rewrite length_app in Hf. rewrite zlen_cons, zlen_app in Hz. simpl in Hf.
    change (zlen [101]) with 1 in Hz.
    destruct (read_dict_ok m IH fuel (u32 (depth + 1)) [] true [] rest) as (acc' & Hr & Hm & Hfx);
      [lia|lia|by apply Forall_fmap in Hhs|done|lia|].
    change create_map with (TYPE_MAP (unordered_unless true) []). rewrite Hr.
    eexists. split; [reflexivity|]. cbn [negb keys_ok flags] in *.
    assert (Hc : copy (TYPE_MAP 0 acc') = denote (TDct m)).
    { simpl. f_equal. exact Hm. }
    split; [simpl in Hc |- *; rewrite <- Hc; by destruct (increasing _ && _)|].
    split; [done|]. intros Ho. simpl in Ho. unfold keys_ok. rewrite Ho. simpl. f_equal. apply Hfx; [|done].
    unfold keys_ok. by rewrite Ho.
Qed.

(** The reader accepts every encoded value nested less than 1024 deep,
    takes exactly its bytes and leaves the rest, and returns the object it
    denotes, whatever the order of the keys and whenever the vectors
    reallocate: the object is marked [flag_unordered] exactly when the keys of
    some dictionary in it are not strictly increasing, a later value of a
    repeated key replaces the earlier one, and an ordered value comes back
    without any flag. *)
Theorem reader_accepts_encoding (t : tree) (depth : Z) (rest : bytes) :
  0 <= depth -> depth + height t < 1024 -> ints_ok t = true ->
  zlen (encode t) + zlen rest < 2 ^ 32 ->
  exists o, object_read_bencode_c reallocates (encode t ++ rest) depth = Ok (o, rest) /\
    copy o = denote t /\
    flags o = (if ordered t then 0 else flag_unordered) /\
    (ordered t = true -> o = denote t).
Proof.
  intros Hd Hh Hi Hz.
  destruct (read_c_encode t (read_fuel (encode t ++ rest)) depth rest) as (o & Hr & Hc & Hf & Ho);
    [unfold read_fuel; rewrite length_app; lia|done..|].
  exists o. split; [done|]. split; [done|]. split; [done|]. intros H. by rewrite <- Hc, Ho.
Qed.

End ReaderSpec.

(** The dictionary {"b": 1, "a": [x, -5], "b": 2}, out of order. *)
Definition sample_tree : tree :=
  TDct [([98], TInt 1); ([97], TLst [TStr [120]; TInt (-5)]); ([98], TInt 2)].

Lemma reader_accepts_encoding_witness :
  ordered sample_tree = false /\
  exists o, object_read_bencode_c (fun _ => true) (encode sample_tree ++ [7]) 0 = Ok (o, [7]) /\
    copy o = denote sample_tree /\ flags o = flag_unordered.
Proof.
  split; [reflexivity|].
  destruct (reader_accepts_encoding (fun _ => true) sample_tree 0 [7]) as (o & H1 & H2 & H3 & _);
    [lia|reflexivity|reflexivity|reflexivity|].
  exists o. split; [exact H1|]. split; [exact H2|exact H3].
Defined.

(** ** Every input: the reader returns or throws [bencode_error] *)

Fixpoint digit_run (s : bytes) : Z :=
  match s with
  | c :: s => if is_digit c then 1 + digit_run s else 0
  | [] => 0
  end.

(** No number in the input has more than 18 digits. *)
Definition short_numbers (s : bytes) : Prop := forall a r, s = a ++ r -> digit_run r <= 18.

Lemma short_numbers_suffix a r : short_numbers (a ++ r) -> short_numbers r.
Proof. intros H b r' ->. apply (H (a ++ b)). by rewrite app_assoc. Qed.

Lemma digit_run_nonneg s : 0 <= digit_run s.
Proof. induction s as [|c s IH]; simpl; [lia|]. destruct (is_digit c); lia. Qed.

(** Bytes are bytes. *)
Lemma is_digit_byte c : is_u8 c -> is_digit c = true -> digit c.
Proof.
  unfold is_digit, schar, is_u8, digit. intros Hc H. apply andb_true_iff in H as [H1 H2]. bool_prop.
  destruct (c <? 128) eqn:E; bool_prop; lia.
Qed.

Lemma value_loop_total a k s : Forall is_u8 s -> 0 <= a < 10 ^ k -> 0 <= k ->
  k + digit_run s <= 18 ->
  exists v pre r, value_loop a s = Ok (v, r) /\ s = pre ++ r.
Proof.
  intros Hs. revert a k. induction Hs as [|c s Hc _ IH]; intros a k Ha Hk Hr; simpl.
  - by exists a, [], [].
  - cbn [digit_run] in Hr. destruct (is_digit c) eqn:E; [|by exists a, [], (c :: s)].
    pose proof (is_digit_byte c Hc E) as Hd. unfold digit in Hd.
    pose proof (digit_run_nonneg s).
    assert (10 ^ Z.succ k <= 10 ^ 18) by (apply Z.pow_le_mono_r; lia).
    rewrite Z.pow_succ_r in * by lia. change (10 ^ 18) with 1000000000000000000 in *.
    rewrite (proj2 (Z.leb_gt (2 ^ 63) (a * 10 + (c - 48)))) by lia. res_simpl.
    destruct (IH (a * 10 + (c - 48)) (k + 1)) as (v & pre & r & -> & ->); [|lia|lia|].
    + rewrite Z.add_1_r, Z.pow_succ_r by lia. lia.
    + exists v, (c :: pre), r. by split.
Qed.

Lemma length_loop_suffix a s : exists pre, s = pre ++ snd (length_loop a s).
Proof.
  revert a. induction s as [|c s IH]; intros a; simpl; [by exists []|].
  destruct (is_digit c); [|by exists []]. destruct (IH (u32 (a * 10 + (c - 48)))) as [pre Hp].
  exists (c :: pre). simpl. by f_equal.
Qed.

(** What a reading function may do: throw [bencode_error], or consume at least
    one byte and return. *)
Definition good {A} (s : bytes) (r : res (A * bytes)) : Prop :=
  match r with
  | Ok (_, rest) => exists c pre, s = c :: pre ++ rest
  | Throw e => e = bencode_error
  | UB => False
  end.

Lemma good_length {A} s (a : A) rest : good s (Ok (a, rest)) -> (length rest < length s)%nat.
Proof. intros (c & pre & ->). simpl. rewrite length_app. lia. Qed.

Lemma good_trans {A B} s r (a : A) (m : res (B * bytes)) :
  good s (Ok (a, r)) -> good r m -> good s m.
Proof.
  intros (c & pre & ->) H. destruct m as [[b rest]|e|]; simpl in *; try done.
  destruct H as (c' & pre' & ->). exists c, (pre ++ c' :: pre'). by rewrite <- app_assoc.
Qed.

Lemma good_cons {A} c s (m : res (A * bytes)) :
  match m with Ok (_, rest) => exists pre, s = pre ++ rest | Throw e => e = bencode_error | UB => False end ->
  good (c :: s) m.
Proof. destruct m as [[a rest]|e|]; simpl; try done. intros [pre ->]. by exists c, pre. Qed.

Lemma read_string_good s : good s (object_read_bencode_c_string s).
Proof.
  unfold object_read_bencode_c_string.
  destruct (length_loop (Z.shiftl 1 31) s) as [len r] eqn:E.
  destruct (length_loop_suffix (Z.shiftl 1 31) s) as [pre Hp]. rewrite E in Hp. simpl in Hp.
  destruct ((u32 (zlen r) <? u32 (len + 1)) || (u32 (len + 1) =? 0)) eqn:Eg; [done|].
  apply orb_false_iff in Eg as [E1 E2]. bool_prop. destruct r as [|c r].
  - change (zlen (@nil Z)) with 0 in E1. change (u32 0) with 0 in E1. pose proof (u32_range (len + 1)). lia.
  - destruct (c =? 58) eqn:Ec; [|done]. simpl.
    rewrite Hp. destruct pre as [|p pre].
    + exists c, (take (Z.to_nat len) r). simpl. by rewrite take_drop.
    + exists p, (pre ++ c :: take (Z.to_nat len) r). simpl. rewrite <- app_assoc. simpl.
      by rewrite take_drop.
Qed.

Lemma read_value_total s : Forall is_u8 s -> short_numbers s ->
  exists v pre r, object_read_bencode_c_value s 0 = Ok (v, r) /\ s = pre ++ r.
Proof.
  intros Hu Hs. unfold object_read_bencode_c_value. destruct s as [|c s]; [by exists 0, [], []|].
  destruct (c =? 45).
  - destruct s as [|d s]; [by exists 0, [], [c]|].
    destruct ((schar d <=? 48) || (57 <? schar d)); [by exists 0, [], (c :: d :: s)|].
    destruct (value_loop_total 0 0 (d :: s)) as (v & pre & r & -> & E);
      [by inversion Hu|simpl; lia|lia|by apply (Hs [c])|].
    exists (- v), (c :: pre), r. rewrite E. done.
  - apply (value_loop_total 0 0); [done|simpl; lia|lia|by apply (Hs [])].
Qed.

Section Totality.
Variable reallocates : nat -> bool.

Definition input_ok (s : bytes) : Prop := Forall is_u8 s /\ short_numbers s.

Lemma input_ok_rest {A} s (a : A) r : good s (Ok (a, r)) -> input_ok s -> input_ok r.
Proof.
  intros (c & pre & ->) [Hu Hs]. rewrite app_comm_cons in *. split.
  - by apply Forall_app in Hu as [_ Hu].
  - by apply short_numbers_suffix in Hs.
Qed.

Lemma input_ok_tail c s : input_ok (c :: s) -> input_ok s.
Proof. apply (input_ok_rest (c :: s) tt). by exists c, []. Qed.

Lemma reader_good fuel :
  (forall depth s, (2 * length s + 1 <= fuel)%nat -> input_ok s ->
     good s (read_c reallocates fuel depth s)) /\
  (forall depth o s, (2 * length s + 2 <= fuel)%nat -> input_ok s ->
     good s (read_list reallocates fuel depth o s)) /\
  (forall depth o prev s, (2 * length s + 2 <= fuel)%nat -> input_ok s ->
     good s (read_dict reallocates fuel depth o prev s)).
Proof.
  induction fuel as [|fuel (IHc & IHl & IHd)]; [repeat split; intros; lia|].
  assert (Hdone : forall c s (o : Object), good (c :: s) (Ok (o, s))) by (intros c s o; by exists c, []).
  split; [|split].
  - intros depth [|c s] Hf Hi; [done|]. cbn [read_c]. simpl in Hf. pose proof (input_ok_tail _ _ Hi) as Hi'.
    destruct (c =? 105).
    { destruct (read_value_total s) as (v & pre & r & -> & ->); [apply Hi'..|]. res_simpl.
      destruct r as [|e r]; [done|]. destruct (e =? 101); [|done]. exists c, (pre ++ [e]).
      by rewrite <- app_assoc. }
    destruct (c =? 108).
    { destruct (1024 <=? _); [done|]. apply (good_trans (c :: s) s create_list); [apply Hdone|].
      apply IHl; [lia|done]. }
    destruct (c =? 100).
    { destruct (1024 <=? _); [done|]. apply (good_trans (c :: s) s create_list); [apply Hdone|].
      apply IHd; [lia|done]. }
    destruct (_ || _); [done|]. pose proof (read_string_good (c :: s)) as H.
    by destruct (object_read_bencode_c_string (c :: s)) as [[str r]|e|].
  - intros depth o [|c s] Hf Hi; [done|]. cbn [read_list]. simpl in Hf.
    destruct (c =? 101); [apply Hdone|].
    specialize (IHc depth (c :: s) ltac:(simpl; lia) Hi).
    destruct (read_c reallocates fuel depth (c :: s)) as [[obj r]|e|] eqn:E; res_simpl; try done.
    pose proof (good_length _ _ _ IHc). cbn [length] in *.
    apply (good_trans (c :: s) r obj); [done|]. apply IHl; [lia|by apply (input_ok_rest _ _ _ IHc)].
  - intros depth o prev [|c s] Hf Hi; [done|]. cbn [read_dict]. simpl in Hf.
    destruct (c =? 101); [apply Hdone|]. pose proof (read_string_good (c :: s)) as Hs.
    destruct (object_read_bencode_c_string (c :: s)) as [[str r]|e|] eqn:Es; res_simpl; try done.
    pose proof (good_length _ _ _ Hs). pose proof (input_ok_rest _ _ _ Hs Hi) as Hi2. cbn [length] in *.
    specialize (IHc depth r ltac:(lia) Hi2).
    destruct (read_c reallocates fuel depth r) as [[v r2]|e|] eqn:E; res_simpl; try done.
    pose proof (good_length _ _ _ IHc). apply (good_trans (c :: s) r str); [done|].
    apply (good_trans r r2 v); [done|]. apply IHd; [lia|by apply (input_ok_rest _ _ _ IHc)].
Qed.

(** C33: on every byte string, malformed or hostile, whose numbers have at most
    18 digits, the reader terminates and either returns an object with a
    proper suffix of the input as the rest, or throws [bencode_error]; it
    never reads out of range and never overflows. *)
Theorem reader_total (s : bytes) (depth : Z) :
  Forall is_u8 s -> short_numbers s ->
  match object_read_bencode_c reallocates s depth with
  | Ok (_, rest) => exists c pre, s = c :: pre ++ rest
  | Throw e => e = bencode_error
  | UB => False
  end.
Proof. intros Hu Hs. by apply (reader_good (read_fuel s)). Qed.


End Totality.

Lemma reader_total_witness :
  match object_read_bencode_c (fun _ => false) [100; 49; 58; 97; 105; 52] 0 with
  | Ok (_, rest) => exists c pre, [100; 49; 58; 97; 105; 52] = c :: pre ++ rest
  | Throw e => e = bencode_error
  | UB => False
  end.
Proof.
  apply (reader_total (fun _ => false) [100; 49; 58; 97; 105; 52] 0).
  - repeat (apply Forall_cons_2; [split; [lia|reflexivity]|]). apply Forall_nil_2.
  - intros a r E. do 6 (destruct a as [|? a]; [simpl in E; subst r; simpl; lia|injection E as <- E]).
    destruct a as [|? a]; [simpl in E; subst r; simpl; lia|discriminate E].
Defined.

(** ** Skipping follows reading *)

Definition skip_from (stack : list bool) (s : bytes) : res bytes := skip_loop (S (length s)) stack s.
Definition skip_after (stack : list bool) (r : bytes) : res bytes :=
  match stack with [] => Ok r | _ => skip_from stack r end.
Definition skip_object (stack : list bool) (s : bytes) : res bytes :=
  match s with
  | [] => Throw bencode_error
  | c :: s' =>
      if (c =? 108) || (c =? 100) then
        if zlen stack + 1 =? 128 then Throw bencode_error else skip_from ((c =? 100) :: stack) s'
      else r ← (if c =? 105 then skip_value s' else skip_string s); skip_after stack r
  end.

Lemma skip_string_shorter s r : skip_string s = Ok r -> (length r < length s)%nat.
Proof.
  unfold skip_string. intros H. res_inv. destruct v as [str r']. simplify_eq.
  pose proof (read_string_good s) as Hg. rewrite E in Hg. by apply good_length in Hg.
Qed.

Lemma skip_value_shorter s r : skip_value s = Ok r -> (length r < length s)%nat.
Proof.
  unfold skip_value. intros H. apply bind_ok in H as (s1 & E1 & H).
  assert (Hl : (length s1 <= length s)%nat).
  { destruct s as [|c s]; [done|]. destruct (c =? 45); [|by simplify_eq].
    destruct s as [|d s]; [done|]. destruct (d =? 48); simplify_eq. simpl. lia. }
  unfold skip_digits in H.
  pose proof (find_split_app (fun c => negb (is_digit c)) s1) as Hs.
  destruct (snd (find_split _ s1)) as [|e r']; [done|]. destruct (e =? 101); simplify_eq.
  rewrite <- Hs in Hl. rewrite length_app in Hl. simpl in Hl. lia.
Qed.

Lemma skip_loop_fuel f : forall f' stack s, (length s < f)%nat -> (length s < f')%nat ->
  skip_loop f stack s = skip_loop f' stack s.
Proof.
  induction f as [|f IH]; intros [|f'] stack s H1 H2; try lia. cbn [skip_loop].
  destruct s as [|c s]; [done|]. cbn [length] in *. destruct (c =? 101).
  { destruct stack as [|b [|b' stack]]; [done..|]. apply IH; lia. }
  set (m := if on_dict stack then skip_string (c :: s) else Ok (c :: s)).
  destruct m as [s1|e|] eqn:Em; res_simpl; try done.
  assert (Hl : (length s1 <= S (length s))%nat).
  { subst m. destruct (on_dict stack); [apply skip_string_shorter in Em; simpl in Em; lia|by simplify_eq]. }
  destruct s1 as [|c1 s1]; [done|]. cbn [length] in Hl.
  destruct ((c1 =? 108) || (c1 =? 100)); [destruct (zlen stack + 1 =? 128); [done|apply IH; lia]|].
  set (m2 := if c1 =? 105 then skip_value s1 else skip_string (c1 :: s1)).
  destruct m2 as [r|e|] eqn:Em2; res_simpl; try done. destruct stack as [|b stack]; [done|].
  assert (Hr : (length r < S (length s1))%nat).
  { subst m2. destruct (c1 =? 105); [apply skip_value_shorter in Em2|apply skip_string_shorter in Em2];
      simpl in Em2; lia. }
  apply IH; lia.
Qed.

(** One round of the loop. *)
Lemma skip_from_step stack c s : skip_from stack (c :: s) =
  if c =? 101 then match stack with [] => Throw bencode_error | _ :: stack => skip_after stack s end
  else s1 ← (if on_dict stack then skip_string (c :: s) else Ok (c :: s)); skip_object stack s1.
Proof.
  unfold skip_from at 1. set (n := S (length (c :: s))). assert (Hn : n = S (S (length s))) by done.
  destruct n as [|n]; [done|]. injection Hn as Hn. cbn [skip_loop].
  assert (Hloop : forall st r, (length r <= length s)%nat -> skip_loop n st r = skip_from st r).
  { intros st r Hr. apply skip_loop_fuel; lia. }
  destruct (c =? 101).
  { destruct stack as [|b [|b' stack]]; [done..|]. simpl. apply Hloop. lia. }
  set (m := if on_dict stack then skip_string (c :: s) else Ok (c :: s)).
  destruct m as [s1|e|] eqn:Em; res_simpl; try done. unfold skip_object.
  destruct s1 as [|c1 s1]; [done|].
  assert (Hl : (length s1 <= length s)%nat).
  { subst m. destruct (on_dict stack); [apply skip_string_shorter in Em; simpl in Em; lia|by simplify_eq]. }
  destruct ((c1 =? 108) || (c1 =? 100)); [destruct (zlen stack + 1 =? 128); [done|by apply Hloop]|].
  set (m2 := if c1 =? 105 then skip_value s1 else skip_string (c1 :: s1)).
  destruct m2 as [r|e|] eqn:Em2; res_simpl; try done. destruct stack as [|b stack]; [done|].
  cbn [skip_after]. apply Hloop.
  subst m2. destruct (c1 =? 105); [apply skip_value_shorter in Em2|apply skip_string_shorter in Em2];
      simpl in Em2; lia.
Qed.

Lemma value_loop_skip a s v r : value_loop a s = Ok (v, r) -> skip_digits s = r.
Proof.
  revert a. induction s as [|c s IH]; intros a; simpl; [by intros; simplify_eq|].
  unfold skip_digits in *. simpl. destruct (is_digit c); simpl; [|by intros; simplify_eq].
  intros H. res_inv. destruct (find_split (fun c => negb (is_digit c)) s) eqn:Efs. simpl in *.
  by eapply IH.
Qed.

Lemma read_value_skip s v r :
  object_read_bencode_c_value s 0 = Ok (v, 101 :: r) -> skip_value s = Ok r.
Proof.
  unfold object_read_bencode_c_value, skip_value. destruct s as [|c s]; [by intros; simplify_eq|].
  destruct (Z.eqb_spec c 45) as [->|Hc].
  - destruct s as [|d s]; [by intros; simplify_eq|].
    destruct ((schar d <=? 48) || (57 <? schar d)) eqn:Ed; [by intros; simplify_eq|].
    intros H. res_inv. destruct v0 as [v0 r0]. simplify_eq.
    rewrite (proj2 (Z.eqb_neq d 48)).
    + res_simpl. by rewrite (value_loop_skip _ _ _ _ E).
    + intros ->. apply orb_false_iff in Ed as [Ed _]. by vm_compute in Ed.
  - intros H. res_simpl. by rewrite (value_loop_skip _ _ _ _ H).
Qed.

Section SkipRead.
Variable reallocates : nat -> bool.

(** Reading again from another depth, and skipping: both come to the same end
    as before, or both give up because the nesting is too deep for them. *)
Definition follows {A} (again : res (A * bytes)) (o : A) (rest : bytes) (stack : list bool) (skip : res bytes) : Prop :=
  (again = Ok (o, rest) /\ skip = skip_after stack rest) \/
  (again = Throw bencode_error /\ skip = Throw bencode_error).

Lemma skip_follows fuel :
  (forall depth s o rest stack, read_c reallocates fuel depth s = Ok (o, rest) -> 0 <= depth < 1024 -> zlen stack < 128 ->
     follows (read_c reallocates fuel (896 + zlen stack) s) o rest stack (skip_object stack s)) /\
  (forall depth o0 s o rest stack, read_list reallocates fuel depth o0 s = Ok (o, rest) -> 0 <= depth < 1024 ->
     zlen stack < 127 ->
     follows (read_list reallocates fuel (897 + zlen stack) o0 s) o rest stack (skip_from (false :: stack) s)) /\
  (forall depth o0 prev s o rest stack, read_dict reallocates fuel depth o0 prev s = Ok (o, rest) -> 0 <= depth < 1024 ->
     zlen stack < 127 ->
     follows (read_dict reallocates fuel (897 + zlen stack) o0 prev s) o rest stack (skip_from (true :: stack) s)).
Proof.
  induction fuel as [|fuel (IHc & IHl & IHd)]; [repeat split; done|]. split; [|split].
  - intros depth [|c s] o rest stack; [done|]. cbn [read_c skip_object]. intros H Hd Hlt.
    pose proof (zlen_nonneg stack).
    destruct (Z.eqb_spec c 105) as [->|H1].
    { cbn [Z.eqb Pos.eqb orb]. res_inv. destruct v as [v r]. destruct r as [|e r]; [done|].
      destruct (Z.eqb_spec e 101) as [->|]; [|done]. simplify_eq. left. rewrite E. split; [done|].
      by rewrite (read_value_skip _ _ _ E). }
    rewrite (u32_small (896 + zlen stack + 1)) by lia. replace (896 + zlen stack + 1) with (897 + zlen stack) by lia.
    assert (Hdeep : (1024 <=? 897 + zlen stack) = (zlen stack + 1 =? 128))
      by (destruct (Z.eqb_spec (zlen stack + 1) 128); [apply Z.leb_le|apply Z.leb_gt]; lia).
    rewrite Hdeep. destruct (Z.eqb_spec c 108) as [->|H2].
    { cbn [Z.eqb Pos.eqb orb]. destruct (1024 <=? u32 (depth + 1)) eqn:Eg; [done|]. bool_prop.
      rewrite u32_small in * by lia. destruct (Z.eqb_spec (zlen stack + 1) 128); [by right|].
      apply (IHl _ _ _ _ _ _ H); lia. }
    destruct (Z.eqb_spec c 100) as [->|H3].
    { cbn [orb]. destruct (1024 <=? u32 (depth + 1)) eqn:Eg; [done|]. bool_prop.
      rewrite u32_small in * by lia. destruct (Z.eqb_spec (zlen stack + 1) 128); [by right|].
      apply (IHd _ _ _ _ _ _ _ H); lia. }
    cbn [orb]. destruct (_ || _) eqn:Eg; [done|]. left. unfold skip_string. res_inv.
    destruct v as [str r]. simplify_eq. rewrite E. done.
  - intros depth o0 [|c s] o rest stack; [done|]. cbn [read_list]. intros H Hd Hlt.
    rewrite skip_from_step. destruct (c =? 101); [left; by simplify_eq|]. cbn [on_dict]. res_simpl. res_inv.
    destruct v as [obj r]. assert (Hz : zlen (false :: stack) = 1 + zlen stack) by (unfold zlen; simpl; lia).
    destruct (IHc _ _ _ _ (false :: stack) E) as [[E1 E2]|[E1 E2]]; [done|lia| |];
      rewrite Hz in E1; replace (896 + (1 + zlen stack)) with (897 + zlen stack) in E1 by lia; rewrite E1, E2; res_simpl; [|by right].
    cbn [skip_after]. by apply (IHl _ _ _ _ _ _ H).
  - intros depth o0 prev [|c s] o rest stack; [done|]. cbn [read_dict]. intros H Hd Hlt.
    rewrite skip_from_step. destruct (c =? 101); [left; by simplify_eq|]. cbn [on_dict]. unfold skip_string.
    apply bind_ok in H as ([str r] & E & H). apply bind_ok in H as ([v r2] & E2 & H).
    rewrite E. res_simpl. assert (Hz : zlen (true :: stack) = 1 + zlen stack) by (unfold zlen; simpl; lia).
    destruct (IHc _ _ _ _ (true :: stack) E2) as [[F1 F2]|[F1 F2]]; [done|lia| |];
      rewrite Hz in F1; replace (896 + (1 + zlen stack)) with (897 + zlen stack) in F1 by lia; rewrite F1, F2; res_simpl; [|by right].
    cbn [skip_after]. by apply (IHd _ _ _ _ _ _ _ H).
Qed.

(** C39: Stepping over an object agrees with reading it, up to the nesting the
    stack machine has room for.  Take an input that the reader accepts, called
    at any depth.  If its nesting is at most 127, that is, the reader accepts
    it also when called at depth 896 of 1023, then it reads the same object
    and the stack machine accepts the input too and stops at the same byte;
    and if its nesting is deeper, the stack machine refuses it. *)
Theorem skip_agrees_with_read (s : bytes) (depth : Z) (o : Object) (rest : bytes) :
  0 <= depth < 1024 -> object_read_bencode_c reallocates s depth = Ok (o, rest) ->
  (object_read_bencode_c reallocates s 896 = Ok (o, rest) /\ object_read_bencode_skip_c s = Ok rest) \/
  (object_read_bencode_c reallocates s 896 = Throw bencode_error /\ object_read_bencode_skip_c s = Throw bencode_error).
Proof.
  intros Hd H. change (object_read_bencode_skip_c s) with (skip_from [] s).
  destruct (skip_follows (read_fuel s)) as (Hc & _ & _).
  destruct s as [|c s]; [done|]. specialize (Hc depth (c :: s) o rest [] H Hd eq_refl). rewrite skip_from_step. cbn [on_dict]. res_simpl.
  destruct (Z.eqb_spec c 101) as [->|]; [|exact Hc]. unfold object_read_bencode_c in H. by simpl in H.
Qed.

End SkipRead.

(** A list in a list, and 128 lists in one another. *)
Lemma skip_agrees_with_read_witness :
  object_read_bencode_skip_c [108; 100; 48; 58; 105; 45; 53; 101; 101; 101; 7] = Ok [7] /\
  object_read_bencode_skip_c (replicate 128 108 ++ replicate 128 101) = Throw bencode_error.
Proof.
  split.
  - destruct (skip_agrees_with_read (fun _ => false) [108; 100; 48; 58; 105; 45; 53; 101; 101; 101; 7] 0
      (TYPE_LIST 0 [TYPE_MAP 0 [([], TYPE_VALUE 0 (-5))]]) [7]) as [[_ E]|[E _]]; [lia|reflexivity|exact E|].
    vm_compute in E. discriminate E.
  - destruct (object_read_bencode_c (fun _ => false) (replicate 128 108 ++ replicate 128 101) 0) as [[o rest]| |] eqn:E;
      [|vm_compute in E; discriminate E..].
    destruct (skip_agrees_with_read (fun _ => false) _ 0 o rest ltac:(lia) E) as [[E1 _]|[_ E1]]; [|exact E1].
    vm_compute in E1. discriminate E1.
Defined.

(** The converse fails: a lone minus sign is an integer for the skipping
    machine and an error for the reader; and the reader overflows on the
    digits of -2^63, which are a valid 64-bit integer. *)
Theorem skip_and_read_differ (reallocates : nat -> bool) :
  object_read_bencode_skip_c [105; 45; 101] = Ok [] /\
  object_read_bencode_c reallocates [105; 45; 101] 0 = Throw bencode_error /\
  object_read_bencode_c reallocates (encode (TInt (- 2 ^ 63))) 0 = UB.
Proof. repeat split. Qed.

End Bencode.
