(* ===== verification/BencodeWrite.v ===== *)
(** * The bencode writer (src/torrent/object_stream.cc)

    The writer fills a caller's buffer and hands it to a callback when it is
    full.  The callback decides what the next buffer is: the stream, size and
    digest callbacks give the same buffer back, [object_write_to_buffer] gives
    an empty one.  [Sink] is what the writer needs of either, and the
    theorems about objects are proved against it. *)

From S2P Require Import Prelude Object Bencode.

Module BencodeWrite.
Import Object Bencode.

(** [object_buffer_t], as the two addresses. *)
Abbreviation object_buffer_t := (Z * Z)%type.

Section Writer.
Context {D : Type}.

(** The callback gets its data, the buffer and the bytes in it. *)
Variable writeFunc : D -> object_buffer_t -> bytes -> res (D * object_buffer_t).

(** [out] is the memory from [buffer.first] to [pos]. *)
Record object_write_data_t := mkWriteData {
  data : D;
  buffer : object_buffer_t;
  out : bytes
}.

Definition pos (w : object_write_data_t) : Z := fst (buffer w) + zlen (out w).

Definition flush (w : object_write_data_t) : res object_write_data_t :=
  '(d, b) ← writeFunc (data w) (buffer w) (out w); Ok (mkWriteData d b []).

Definition buffer_empty (w : object_write_data_t) : bool := fst (buffer w) =? snd (buffer w).

(** [memcpy] of the part that fits, then a flush when the buffer is full. *)
Fixpoint string_loop (fuel : nat) (w : object_write_data_t) (src : bytes)
    : res object_write_data_t :=
  match src with
  | [] => Ok w
  | _ =>
      match fuel with
      | O => UB
      | S fuel =>
          let len := Z.to_nat (Z.min (zlen src) (u32 (snd (buffer w) - pos w))) in
          let w := mkWriteData (data w) (buffer w) (out w ++ take len src) in
          if pos w =? snd (buffer w) then
            w ← flush w;
            if buffer_empty w then Ok w else string_loop fuel w (drop len src)
          else string_loop fuel w (drop len src)
      end
  end.

Definition object_write_bencode_c_string (w : object_write_data_t) (src : bytes)
    : res object_write_data_t :=
  string_loop (2 * length src) w src.

Definition object_write_bencode_c_char (w : object_write_data_t) (src : Z)
    : res object_write_data_t :=
  if pos w =? snd (buffer w) then
    w ← flush w;
    if buffer_empty w then Ok w else Ok (mkWriteData (data w) (buffer w) (out w ++ [src]))
  else Ok (mkWriteData (data w) (buffer w) (out w ++ [src])).

(** [while (value != 0) { *--first = '0' + value % 10; value /= 10; }] in a
    buffer of 20 characters. *)
Fixpoint digit_loop (room : nat) (value : Z) (first : bytes) : res bytes :=
  if value =? 0 then Ok first
  else match room with
       | O => UB
       | S room => digit_loop room (value / 10) ((48 + value mod 10) :: first)
       end.

Definition object_write_bencode_c_value (w : object_write_data_t) (src : Z)
    : res object_write_data_t :=
  if src =? 0 then object_write_bencode_c_char w 48
  else
    w ← (if src <? 0 then object_write_bencode_c_char w 45 else Ok w);
    let value := if src <? 0 then u64 (- u64 src) else u64 src in
    first ← digit_loop 20 value [];
    object_write_bencode_c_string w first.

Definition object_write_bencode_c_obj_value (w : object_write_data_t) (value : Z)
    : res object_write_data_t :=
  w ← object_write_bencode_c_char w 105;
  w ← object_write_bencode_c_value w value;
  object_write_bencode_c_char w 101.

(** The size is passed as a [uint32_t]. *)
Definition object_write_bencode_c_obj_string (w : object_write_data_t) (str : bytes)
    : res object_write_data_t :=
  let size := u32 (zlen str) in
  w ← object_write_bencode_c_value w size;
  w ← object_write_bencode_c_char w 58;
  object_write_bencode_c_string w (take (Z.to_nat size) str).

(** A container's brackets around raw bytes. *)
Definition write_raw_container (w : object_write_data_t) (open : Z) (raw : bytes)
    : res object_write_data_t :=
  w ← object_write_bencode_c_char w open;
  w ← object_write_bencode_c_string w raw;
  object_write_bencode_c_char w 101.

Definition skips (skip_mask : Z) (o : Object) : bool := is_empty o || has_flags o skip_mask.

Fixpoint object_write_bencode_c_object (w : object_write_data_t) (o : Object) (skip_mask : Z)
    {struct o} : res object_write_data_t :=
  match o with
  | TYPE_NONE _ => Ok w
  | TYPE_RAW_BENCODE _ raw => object_write_bencode_c_string w raw
  | TYPE_RAW_STRING _ raw => object_write_bencode_c_obj_string w raw
  | TYPE_RAW_LIST _ raw => write_raw_container w 108 raw
  | TYPE_RAW_MAP _ raw => write_raw_container w 100 raw
  | TYPE_VALUE _ v => object_write_bencode_c_obj_value w v
  | TYPE_STRING _ s => object_write_bencode_c_obj_string w s
  | TYPE_LIST _ l =>
      w ← object_write_bencode_c_char w 108;
      w ← (fix list_loop (w : object_write_data_t) (l : list Object) {struct l} :=
             match l with
             | [] => Ok w
             | a :: l =>
                 if skips skip_mask a then list_loop w l
                 else w ← object_write_bencode_c_object w a skip_mask; list_loop w l
             end) w l;
      object_write_bencode_c_char w 101
  | TYPE_MAP _ m =>
      w ← object_write_bencode_c_char w 100;
      w ← (fix map_loop (w : object_write_data_t) (m : list (bytes * Object)) {struct m} :=
             match m with
             | [] => Ok w
             | (k, a) :: m =>
                 if skips skip_mask a then map_loop w m
                 else
                   w ← object_write_bencode_c_obj_string w k;
                   w ← object_write_bencode_c_object w a skip_mask;
                   map_loop w m
             end) w m;
      object_write_bencode_c_char w 101
  | TYPE_DICT_KEY _ _ _ => Throw bencode_error
  end.

Definition object_write_bencode_c (d : D) (b : object_buffer_t) (o : Object) (skip_mask : Z)
    : res (D * object_buffer_t) :=
  w ← (if has_flags o skip_mask then Ok (mkWriteData d b [])
       else object_write_bencode_c_object (mkWriteData d b []) o skip_mask);
  if pos w =? fst (buffer w) then Ok (data w, buffer w)
  else writeFunc (data w) (fst (buffer w), pos w) (out w).

End Writer.
Arguments object_write_data_t D : clear implicits.
Arguments mkWriteData {D}.
Arguments data {D}.
Arguments buffer {D}.
Arguments out {D}.

(** ** The callbacks *)

(** The memory of the caller is what the data stands for here. *)
Definition object_write_to_buffer (mem : bytes) (b : object_buffer_t) (s : bytes)
    : res (bytes * object_buffer_t) :=
  _ ← throw_when (fst b =? snd b) internal_error;
  Ok (mem ++ s, (snd b, snd b)).

Definition object_write_to_size (n : Z) (b : object_buffer_t) (s : bytes)
    : res (Z * object_buffer_t) := Ok (u64 (n + zlen s), b).

(** An output stream: what it holds, and [bad()] after a write. *)
Definition object_write_to_stream (bad : bytes -> bool) (stream : bytes) (b : object_buffer_t)
    (s : bytes) : res (bytes * object_buffer_t) :=
  let stream := stream ++ s in
  if bad stream then Ok (stream, (fst b, fst b)) else Ok (stream, b).

(** [object_write_to_sha1], with the digest's [update] as a parameter. *)
Definition object_write_to_sha1 {S} (update : S -> bytes -> S) (sha : S) (b : object_buffer_t)
    (s : bytes) : res (S * object_buffer_t) := Ok (update sha s, b).

(** [object_write_bencode] to a stream, with a buffer of 1024 bytes, and to a
    range of memory. *)
Definition object_write_bencode_stream (bad : bytes -> bool) (stream : bytes) (o : Object)
    (skip_mask : Z) : res bytes :=
  '(stream, _) ← object_write_bencode_c (object_write_to_stream bad) stream (0, 1024) o skip_mask;
  Ok stream.

Definition object_write_bencode_buffer (first last : Z) (o : Object) (skip_mask : Z)
    : res (bytes * object_buffer_t) :=
  object_write_bencode_c object_write_to_buffer [] (first, last) o skip_mask.

(** ** Specification *)

(** The bytes of an object. *)
Fixpoint bencode (skip_mask : Z) (o : Object) : bytes :=
  match o with
  | TYPE_NONE _ | TYPE_DICT_KEY _ _ _ => []
  | TYPE_RAW_BENCODE _ raw => raw
  | TYPE_RAW_STRING _ s | TYPE_STRING _ s => encode_string s
  | TYPE_RAW_LIST _ raw => 108 :: raw ++ [101]
  | TYPE_RAW_MAP _ raw => 100 :: raw ++ [101]
  | TYPE_VALUE _ v => 105 :: decimal v ++ [101]
  | TYPE_LIST _ l =>
      108 :: concat (List.map (fun a => if skips skip_mask a then [] else bencode skip_mask a) l) ++ [101]
  | TYPE_MAP _ m =>
      100 :: concat (List.map (fun kv => if skips skip_mask (snd kv) then []
                                 else encode_string (fst kv) ++ bencode skip_mask (snd kv)) m) ++ [101]
  end.

(** Values at their width, strings a [uint32_t] can measure, and no internal
    dictionary key where it would be written. *)
Fixpoint writable (skip_mask : Z) (o : Object) : bool :=
  match o with
  | TYPE_NONE _ | TYPE_RAW_BENCODE _ _ | TYPE_RAW_LIST _ _ | TYPE_RAW_MAP _ _ => true
  | TYPE_RAW_STRING _ s | TYPE_STRING _ s => zlen s <? 2 ^ 32
  | TYPE_VALUE _ v => (- 2 ^ 63 <=? v) && (v <? 2 ^ 63)
  | TYPE_LIST _ l => forallb (fun a => skips skip_mask a || writable skip_mask a) l
  | TYPE_MAP _ m =>
      forallb (fun kv => skips skip_mask (snd kv) ||
        ((zlen (fst kv) <? 2 ^ 32) && writable skip_mask (snd kv))) m
  | TYPE_DICT_KEY _ _ _ => false
  end.

(** What the writer needs of a callback and its buffer: [holds w W] says that
    the state [w] has taken the bytes [W], and anything that [fits] is taken. *)
Class Sink {D} (writeFunc : D -> object_buffer_t -> bytes -> res (D * object_buffer_t))
    (holds : object_write_data_t D -> bytes -> Prop) (fits : bytes -> Prop) := {
  sink_prefix : forall a b, fits (a ++ b) -> fits a;
  sink_char : forall w W c, holds w W -> fits (W ++ [c]) ->
    exists w', object_write_bencode_c_char writeFunc w c = Ok w' /\ holds w' (W ++ [c]);
  sink_string : forall w W s, holds w W -> fits (W ++ s) ->
    exists w', object_write_bencode_c_string writeFunc w s = Ok w' /\ holds w' (W ++ s)
}.

Lemma digit_loop_digits n v acc : 0 <= v < 10 ^ Z.of_nat n ->
  digit_loop n v acc = Ok (digits n v acc).
Proof.
  revert v acc. induction n as [|n IH]; intros v acc Hv.
  - simpl in Hv. by assert (v = 0) as -> by lia.
  - cbn [digit_loop digits]. destruct (v =? 0); [done|].
    rewrite Nat2Z.inj_succ, Z.pow_succ_r in Hv by lia.
    apply IH. split; [apply Z.div_pos; lia|apply Z.div_lt_upper_bound; lia].
Qed.

Section Objects.
Context {D} {writeFunc : D -> object_buffer_t -> bytes -> res (D * object_buffer_t)}.
Context {holds : object_write_data_t D -> bytes -> Prop} {fits : bytes -> Prop}.
Context {HS : Sink writeFunc holds fits}.

(** [f] takes the bytes [s]. *)
Definition takes (f : object_write_data_t D -> res (object_write_data_t D)) (s : bytes) : Prop :=
  forall w W, holds w W -> fits (W ++ s) -> exists w', f w = Ok w' /\ holds w' (W ++ s).

Lemma takes_bind f g s t : takes f s -> takes g t -> takes (fun w => w' ← f w; g w') (s ++ t).
Proof.
  intros Hf Hg w W Hw Hfit. rewrite app_assoc in *.
  destruct (Hf w W Hw) as (w1 & -> & H1); [by apply sink_prefix in Hfit|].
  destruct (Hg w1 (W ++ s) H1 Hfit) as (w2 & H2 & H3). res_simpl. eauto.
Qed.

Lemma takes_nil : takes (fun w => Ok w) [].
Proof. intros w W Hw _. exists w. by rewrite app_nil_r. Qed.

Lemma takes_char c : takes (fun w => object_write_bencode_c_char writeFunc w c) [c].
Proof. intros w W. apply sink_char. Qed.

Lemma takes_string s : takes (fun w => object_write_bencode_c_string writeFunc w s) s.
Proof. intros w W. apply sink_string. Qed.

Lemma takes_value v : - 2 ^ 63 <= v < 2 ^ 63 ->
  takes (fun w => object_write_bencode_c_value writeFunc w v) (decimal v).
Proof.
  intros Hv. unfold decimal, object_write_bencode_c_value.
  destruct (v =? 0) eqn:E0; [apply takes_char|]. bool_prop.
  assert (H20 : 10 ^ Z.of_nat 20 = 100000000000000000000) by reflexivity.
  destruct (v <? 0) eqn:E; bool_prop.
  - assert (u64 (- u64 v) = - v) as ->.
    { unfold u64. rewrite <- (Z.mod_small (- v) (2 ^ 64)) by lia.
      rewrite <- (Z.mod_unique v (2 ^ 64) (-1) (v + 2 ^ 64)); [|lia|lia].
      replace (- (v + 2 ^ 64)) with (- v + (-1) * 2 ^ 64) by lia. by rewrite Z.mod_add. }
    rewrite digit_loop_digits by lia. res_simpl.
    apply (takes_bind _ _ [45] (digits 20 (- v) [])); [apply takes_char|apply takes_string].
  - rewrite u64_small by lia. rewrite digit_loop_digits by lia. res_simpl. apply takes_string.
Qed.

Lemma takes_obj_string s : zlen s < 2 ^ 32 ->
  takes (fun w => object_write_bencode_c_obj_string writeFunc w s) (encode_string s).
Proof.
  intros Hs. pose proof (zlen_nonneg s). unfold object_write_bencode_c_obj_string, encode_string.
  rewrite u32_small by lia. rewrite take_ge by (unfold zlen; lia).
  apply takes_bind; [apply takes_value; lia|].
  apply (takes_bind _ _ [58] s); [apply takes_char|apply takes_string].
Qed.

Lemma takes_container o f s : takes f s ->
  takes (fun w => w ← object_write_bencode_c_char writeFunc w o; w ← f w;
                  object_write_bencode_c_char writeFunc w 101) (o :: s ++ [101]).
Proof.
  intros Hf. apply (takes_bind _ _ [o]); [apply takes_char|]. apply takes_bind; [done|apply takes_char].
Qed.

Lemma takes_object mask o : writable mask o = true ->
  takes (fun w => object_write_bencode_c_object writeFunc w o mask) (bencode mask o).
Proof.
  induction o as [f|f r|f r|f r|f r|f v|f s|f l IH|f m IH|f k o IH] using Object_ind;
    intros Hw; cbn [writable bencode object_write_bencode_c_object] in *.
  - apply takes_nil.
  - apply takes_string.
  - bool_prop. by apply takes_obj_string.
  - apply takes_container, takes_string.
  - apply takes_container, takes_string.
  - bool_prop. apply (takes_container 105); apply takes_value. lia.
  - bool_prop. by apply takes_obj_string.
  - apply takes_container. induction IH as [|a l Ha _ IHl]; [apply takes_nil|].
    cbn [forallb] in Hw. apply andb_true_iff in Hw as [Ha1 Hl]. specialize (IHl Hl).
    cbn [List.map concat]. destruct (skips mask a); [done|]. by apply takes_bind; [apply Ha|].
  - apply takes_container. induction IH as [|[k a] m Ha _ IHm]; [apply takes_nil|].
    cbn [forallb fst snd] in Hw. apply andb_true_iff in Hw as [Ha1 Hm]. specialize (IHm Hm).
    cbn [List.map concat fst snd] in *. destruct (skips mask a); [done|]. cbn [orb] in Ha1.
    apply andb_true_iff in Ha1 as [Hk Ha1]. bool_prop.
    rewrite <- app_assoc. apply takes_bind; [by apply takes_obj_string|]. by apply takes_bind; [apply Ha|].
  - done.
Qed.

End Objects.

(** ** Callbacks that give the same buffer back *)

Section Absorbing.
Context {D : Type} (absorb : D -> bytes -> D).
Hypothesis absorb_app : forall d a b, absorb (absorb d a) b = absorb d (a ++ b).
Variable writeFunc : D -> object_buffer_t -> bytes -> res (D * object_buffer_t).
Hypothesis writeFunc_absorbs : forall d b s, writeFunc d b s = Ok (absorb d s, b).

Definition absorbs (d0 : D) (first last : Z) (w : object_write_data_t D) (W : bytes) : Prop :=
  buffer w = (first, last) /\ zlen (out w) <= last - first /\
  absorb (data w) (out w) = absorb d0 W.

Lemma absorbs_flush d0 first last w W : first < last ->
  absorbs d0 first last w W ->
  exists w', flush writeFunc w = Ok w' /\ absorbs d0 first last w' W /\ out w' = [].
Proof.
  intros Hb (Eb & Hl & Ha). unfold flush. rewrite writeFunc_absorbs. res_simpl.
  eexists. split; [reflexivity|]. split; [|done]. split; [done|]. simpl.
  split; [change (zlen []) with 0; lia|]. by rewrite absorb_app, app_nil_r.
Qed.

Lemma string_loop_nil fuel w : string_loop writeFunc fuel w [] = Ok w.
Proof. by destruct fuel. Qed.

Lemma string_loop_absorbs d0 first last : first < last -> last - first < 2 ^ 32 ->
  forall fuel w W s, absorbs d0 first last w W ->
  (length s + (if (pos w =? last)%Z then 1 else 0) <= fuel)%nat ->
  exists w', string_loop writeFunc fuel w s = Ok w' /\ absorbs d0 first last w' (W ++ s).
Proof.
  intros Hb H32. induction fuel as [|fuel IH]; intros w W s Hw Hf.
  { destruct s; [|simpl in Hf; lia]. exists w. by rewrite app_nil_r. }
  destruct s as [|c s]; [exists w; by rewrite app_nil_r|].
  pose proof Hw as (Eb & Hl & Ha). cbn [string_loop]. rewrite Eb. cbn [snd].
  set (src := c :: s) in *. assert (Hsrc : 1 <= zlen src) by (unfold src, zlen; simpl; lia).
  set (len := Z.to_nat (Z.min (zlen src) (u32 (last - pos w)))).
  assert (Hpos : pos w = first + zlen (out w)) by (unfold pos; by rewrite Eb).
  pose proof (zlen_nonneg (out w)).
  assert (Hlen : Z.of_nat len = Z.min (zlen src) (last - pos w))
    by (unfold len; rewrite u32_small by lia; lia).
  set (w1 := mkWriteData (data w) (first, last) (out w ++ take len src)).
  assert (Ho1 : zlen (out w1) = zlen (out w) + Z.of_nat len).
  { unfold w1. cbn [out]. rewrite zlen_app. f_equal. unfold zlen in *. rewrite length_take. lia. }
  assert (Hp1 : pos w1 = pos w + Z.of_nat len).
  { unfold pos at 1. rewrite Ho1, Hpos. cbn [w1 buffer fst]. lia. }
  assert (Hw1 : absorbs d0 first last w1 (W ++ take len src)).
  { split; [done|]. split; [rewrite Ho1; lia|].
    simpl. by rewrite <- absorb_app, Ha, absorb_app. }
  rewrite Hp1. change (snd (buffer w1)) with last.
  destruct (Z.eqb_spec (pos w + Z.of_nat len) last) as [El|El].
  - destruct (absorbs_flush d0 first last w1 _ Hb Hw1) as (w2 & -> & Hw2 & Ho). res_simpl.
    pose proof Hw2 as (Eb2 & _ & _). unfold buffer_empty. rewrite Eb2. cbn [fst snd].
    rewrite (proj2 (Z.eqb_neq first last)) by lia.
    destruct (IH w2 _ (drop len src) Hw2) as (w3 & -> & Hw3).
    { unfold pos. rewrite Eb2, Ho. change (zlen []) with 0. cbn [fst].
      rewrite (proj2 (Z.eqb_neq (first + 0) last)), length_drop by lia.
      destruct (Z.eqb_spec (pos w) last); unfold zlen in *; lia. }
    exists w3. split; [done|]. by rewrite <- app_assoc, take_drop in Hw3.
  - assert (Hall : (length src <= len)%nat) by (unfold zlen in *; lia).
    rewrite drop_ge, string_loop_nil by done. exists w1. split; [done|].
    by rewrite take_ge in Hw1.
Qed.

#[local] Instance absorbing_sink d0 first last (Hb : first < last) (H32 : last - first < 2 ^ 32) :
  Sink writeFunc (absorbs d0 first last) (fun _ => True).
Proof.
  split; [done| |].
  - intros w W c Hw _. unfold object_write_bencode_c_char. pose proof Hw as (Eb & Hl & Ha).
    assert (Hput : forall w2 : object_write_data_t D, absorbs d0 first last w2 W -> zlen (out w2) < last - first ->
      absorbs d0 first last (mkWriteData (data w2) (buffer w2) (out w2 ++ [c])) (W ++ [c])).
    { intros w2 (Eb2 & Hl2 & Ha2) Hlt. split; [done|]. simpl. split.
      - rewrite zlen_app. change (zlen [c]) with 1. lia.
      - by rewrite <- absorb_app, Ha2, absorb_app. }
    rewrite Eb. cbn [snd]. unfold pos at 1. rewrite Eb. cbn [fst].
    destruct (Z.eqb_spec (first + zlen (out w)) last) as [E|E].
    + destruct (absorbs_flush d0 first last w W Hb Hw) as (w2 & -> & Hw2 & Ho). res_simpl.
      pose proof Hw2 as (Eb2 & _ & _). unfold buffer_empty. rewrite Eb2. cbn [fst snd].
      rewrite (proj2 (Z.eqb_neq first last)) by lia. eexists. split; [reflexivity|].
      rewrite <- Eb2. apply Hput; [done|]. rewrite Ho. change (zlen []) with 0. lia.
    + eexists. split; [reflexivity|]. rewrite <- Eb. apply Hput; [done|lia].
  - intros w W [|c s] Hw _; [exists w; by rewrite app_nil_r|].
    apply string_loop_absorbs; try done. simpl. destruct (pos w =? last); lia.
Qed.

Lemma write_absorbs d first last o skip_mask : first < last -> last - first < 2 ^ 32 ->
  (forall d, absorb d [] = d) ->
  has_flags o skip_mask = false -> writable skip_mask o = true ->
  exists b, object_write_bencode_c writeFunc d (first, last) o skip_mask =
    Ok (absorb d (bencode skip_mask o), b).
Proof.
  intros Hb H32 Hnil Hfl Hw. unfold object_write_bencode_c. rewrite Hfl.
  pose proof (absorbing_sink d first last Hb H32) as HS.
  destruct (takes_object (HS := HS) skip_mask o Hw (mkWriteData d (first, last) []) [])
    as (w & -> & Eb & Hl & Ha); [|done|].
  { split; [done|]. split; [simpl; change (zlen []) with 0; lia|done]. }
  res_simpl. simpl in Ha. unfold pos. rewrite Eb. cbn [fst].
  destruct (Z.eqb_spec (first + zlen (out w)) first) as [E|E].
  - exists (first, last). assert (out w = []) as Eo by (apply length_zero_iff_nil; unfold zlen in E; lia).
    rewrite Eo, Hnil in Ha. by rewrite Ha.
  - eexists. rewrite writeFunc_absorbs, Ha. reflexivity.
Qed.

End Absorbing.

(** Writing an object to a stream that does not fail produces exactly its
    bencoding, whatever the number of times the 1024-byte buffer fills up in
    the middle of a string, a number or a bracket. *)
Theorem stream_write_is_bencode (stream : bytes) (o : Object) (skip_mask : Z) :
  has_flags o skip_mask = false -> writable skip_mask o = true ->
  object_write_bencode_stream (fun _ => false) stream o skip_mask =
    Ok (stream ++ bencode skip_mask o).
Proof.
  intros Hf Hw. unfold object_write_bencode_stream.
  destruct (write_absorbs (fun d s => d ++ s) (fun d a b => eq_sym (app_assoc d a b))
    (object_write_to_stream (fun _ => false)) (fun d b s => eq_refl) stream 0 1024 o skip_mask)
    as (b & ->); [lia|lia|apply app_nil_r|done..].
Qed.

(** ** Writing into memory *)

Section Memory.
Variables (first last : Z).
Hypothesis room32 : last - first < 2 ^ 32.

(** Before the end of the range is reached by a string, and after. *)
Definition memory_holds (w : object_write_data_t bytes) (W : bytes) : Prop :=
  (buffer w = (first, last) /\ data w = [] /\ out w = W /\ zlen W <= last - first) \/
  (buffer w = (last, last) /\ data w = W /\ out w = [] /\ zlen W = last - first /\ W <> []).

Instance memory_sink :
  Sink object_write_to_buffer memory_holds (fun W => zlen W <= last - first).
Proof.
  split.
  - intros a b. rewrite zlen_app. pose proof (zlen_nonneg b). lia.
  - intros w W c Hw Hfit. rewrite zlen_app in Hfit. change (zlen [c]) with 1 in Hfit.
    destruct Hw as [(Eb & Ed & Eo & Hl)|(_ & _ & _ & Hl & _)]; [|lia].
    unfold object_write_bencode_c_char, pos. rewrite Eb, Eo. cbn [fst snd].
    rewrite (proj2 (Z.eqb_neq (first + zlen W) last)) by lia. eexists. split; [reflexivity|].
    left. simpl. rewrite zlen_app. by split; [|split; [|split; [|done]]].
  - intros w W [|c s] Hw Hfit; [exists w; by rewrite app_nil_r|]. rewrite zlen_app in Hfit.
    set (src := c :: s) in *. assert (Hsrc : 1 <= zlen src) by (unfold src, zlen; simpl; lia).
    destruct Hw as [(Eb & Ed & Eo & Hl)|(_ & _ & _ & Hl & _)]; [|lia].
    pose proof (zlen_nonneg W).
    unfold object_write_bencode_c_string. change (length src) with (S (length s)).
    replace (2 * S (length s))%nat with (S (S (2 * length s))) by lia.
    cbn [string_loop]. unfold src at 1. fold src. unfold pos. rewrite Eb, Eo, Ed. cbn [fst snd buffer out data].
    rewrite u32_small, Z.min_l by lia. rewrite take_ge, drop_ge by (unfold zlen; lia).
    rewrite zlen_app. destruct (Z.eqb_spec (first + (zlen W + zlen src)) last) as [E|E].
    + unfold flush, object_write_to_buffer. cbn [fst snd buffer out data].
      rewrite (proj2 (Z.eqb_neq first last)) by lia. res_simpl. unfold buffer_empty. cbn [fst snd buffer].
      rewrite Z.eqb_refl. eexists. split; [reflexivity|]. right. cbn [buffer out data].
      rewrite zlen_app. split; [done|]. split; [done|]. split; [done|]. split; [lia|by destruct W].
    + cbn [string_loop]. eexists. split; [reflexivity|]. left. cbn [buffer out data].
      rewrite zlen_app. by split; [|split; [|split; [|lia]]].
Qed.

End Memory.

(** An object whose bencoding fits in a range of memory is written to its
    start and the returned buffer begins where it ends; an object with no
    bytes returns the range as it was. *)
Theorem buffer_write_fits (first last : Z) (o : Object) (skip_mask : Z) :
  first <= last -> last - first < 2 ^ 32 ->
  has_flags o skip_mask = false -> writable skip_mask o = true ->
  zlen (bencode skip_mask o) <= last - first ->
  object_write_bencode_buffer first last o skip_mask =
    Ok (bencode skip_mask o,
        match bencode skip_mask o with
        | [] => (first, last)
        | _ => (first + zlen (bencode skip_mask o), first + zlen (bencode skip_mask o))
        end).
Proof.
  intros Hr H32 Hfl Hw Hfit. unfold object_write_bencode_buffer, object_write_bencode_c. rewrite Hfl.
  pose proof (memory_sink first last H32) as HS.
  destruct (takes_object (HS := HS) skip_mask o Hw (mkWriteData [] (first, last) []) [])
    as (w & -> & Hh); [left; simpl; change (zlen []) with 0; by split; [|split; [|split; [|lia]]]|done|].
  simpl in Hh. res_simpl. unfold pos.
  destruct Hh as [(Eb & Ed & Eo & Hl)|(Eb & Ed & Eo & Hl & Hn)]; rewrite Eb, Ed, Eo; cbn [fst].
  - destruct (bencode skip_mask o) as [|c s] eqn:E.
    + change (zlen []) with 0. by rewrite Z.add_0_r, Z.eqb_refl.
    + assert (1 <= zlen (c :: s)) by (unfold zlen; simpl; lia).
      rewrite (proj2 (Z.eqb_neq (first + zlen (c :: s)) first)) by lia.
      unfold object_write_to_buffer. cbn [fst snd].
      rewrite (proj2 (Z.eqb_neq first (first + zlen (c :: s)))) by lia. done.
  - change (zlen []) with 0. rewrite Z.add_0_r, Z.eqb_refl, Hl.
    replace (first + (last - first)) with last by lia. by destruct (bencode skip_mask o).
Qed.

Definition sample_object : Object :=
  TYPE_MAP 0 [([97], TYPE_LIST 0 [TYPE_VALUE 0 (-5); TYPE_STRING 0 [120; 121]]); ([98], TYPE_VALUE 0 0)].

Lemma stream_write_is_bencode_witness :
  object_write_bencode_stream (fun _ => false) [7] sample_object 0 = Ok ([7] ++ bencode 0 sample_object) /\
  zlen (bencode 0 sample_object) = 21.
Proof.
  split; [|reflexivity]. apply (stream_write_is_bencode [7] sample_object 0); reflexivity.
Defined.

Lemma buffer_write_fits_witness :
  object_write_bencode_buffer 100 121 sample_object 0 = Ok (bencode 0 sample_object, (121, 121)).
Proof.
  rewrite (buffer_write_fits 100 121 sample_object 0); [reflexivity|lia|lia|reflexivity|reflexivity|].
  vm_compute. intros H. discriminate H.
Defined.

(** A string that does not fit is cut off at the end of the range without
    an error, while a list around it is reported. *)
Theorem buffer_write_truncates :
  object_write_bencode_buffer 0 4 (TYPE_STRING 0 [97; 98; 99; 100]) 0 = Ok ([52; 58; 97; 98], (4, 4)) /\
  object_write_bencode_buffer 0 5 (TYPE_LIST 0 [TYPE_STRING 0 [97; 98; 99; 100]]) 0 = Throw internal_error.
Proof. split; reflexivity. Qed.

(** ** Writing and reading back *)

(** Objects of the four bencode types, with no flags, keys in order and
    values the reader can negate. *)
Fixpoint ordinary (o : Object) : bool :=
  match o with
  | TYPE_VALUE f v => (f =? 0) && ((- 2 ^ 63 <? v) && (v <? 2 ^ 63))
  | TYPE_STRING f s => (f =? 0) && (zlen s <? 2 ^ 32)
  | TYPE_LIST f l => (f =? 0) && forallb ordinary l
  | TYPE_MAP f m =>
      (f =? 0) && increasing (List.map fst m) &&
      forallb (fun kv => (zlen (fst kv) <? 2 ^ 32) && ordinary (snd kv)) m
  | _ => false
  end.

Fixpoint tree_of (o : Object) : tree :=
  match o with
  | TYPE_VALUE _ v => TInt v
  | TYPE_STRING _ s => TStr s
  | TYPE_LIST _ l => TLst (List.map tree_of l)
  | TYPE_MAP _ m => TDct (List.map (fun kv => (fst kv, tree_of (snd kv))) m)
  | _ => TInt 0
  end.

(** The number of nested containers. *)
Definition nesting (o : Object) : Z := height (tree_of o).

Lemma ordinary_flags o mask : ordinary o = true -> skips mask o = false /\ has_flags o mask = false.
Proof.
  unfold skips, has_flags. destruct o as [f|f r|f r|f r|f r|f v|f s|f l|f m|f k o]; simpl; try done;
    intros H; repeat apply andb_true_iff in H as [H _]; apply Z.eqb_eq in H; by subst f.
Qed.

Lemma map_ext_Forall {A B} (f g : A -> B) l : Forall (fun a => f a = g a) l -> List.map f l = List.map g l.
Proof. induction 1 as [|a l Ha _ IH]; simpl; [done|]. by rewrite Ha, IH. Qed.

Lemma ordinary_list f l : ordinary (TYPE_LIST f l) = true ->
  f = 0 /\ Forall (fun a => ordinary a = true) l.
Proof. simpl. intros H. apply andb_true_iff in H as [H1 H2]. bool_prop. by apply forallb_Forall_iff in H2. Qed.

Lemma ordinary_map f m : ordinary (TYPE_MAP f m) = true ->
  f = 0 /\ increasing (List.map fst m) = true /\
  Forall (fun kv => zlen kv.1 < 2 ^ 32 /\ ordinary kv.2 = true) m.
Proof.
  simpl. intros H. apply andb_true_iff in H as [H1 H2]. apply andb_true_iff in H1 as [H1 H3]. bool_prop.
  split; [done|]. split; [done|]. apply forallb_Forall_iff in H2.
  eapply Forall_impl; [done|]. simpl. intros kv Hk. by bool_prop.
Qed.

Lemma bencode_encode mask o : ordinary o = true -> bencode mask o = encode (tree_of o).
Proof.
  induction o as [f|f r|f r|f r|f r|f v|f s|f l IH|f m IH|f k o IH] using Object_ind; try done; intros H.
  - apply ordinary_list in H as [_ H]. cbn [bencode tree_of encode]. do 3 f_equal.
    rewrite List.map_map. apply map_ext_Forall. rewrite Forall_forall in *. intros a Ha.
    rewrite (proj1 (ordinary_flags a mask (H a Ha))). by apply IH, H.
  - apply ordinary_map in H as (_ & _ & H). cbn [bencode tree_of encode]. do 3 f_equal.
    rewrite List.map_map. apply map_ext_Forall. rewrite Forall_forall in *. intros a Ha. cbn [fst snd].
    rewrite (proj1 (ordinary_flags (snd a) mask (proj2 (H a Ha)))). f_equal. by apply IH, H.
Qed.

Lemma increasing_all k ks : increasing (k :: ks) = true ->
  Forall (fun k' => str_lt k k' = true) ks /\ increasing ks = true.
Proof.
  revert k. induction ks as [|k2 ks IH]; intros k H; [done|].
  cbn [increasing] in H. apply andb_true_iff in H as [H1 H2].
  destruct (IH k2 H2) as [Hall _]. split; [|done]. apply Forall_cons_2; [done|].
  eapply Forall_impl; [done|]. intros k3. by apply str_lt_trans.
Qed.

Lemma assign_all_increasing acc m : increasing (List.map fst m) = true ->
  Forall (fun kv : bytes * Object => Forall (fun k => str_lt kv.1 k = true) (List.map fst m)) acc ->
  assign_all acc m = acc ++ m.
Proof.
  revert acc. induction m as [|[k v] m IH]; intros acc Hi Ha; [by rewrite app_nil_r|].
  cbn [List.map fst] in *. destruct (increasing_all _ _ Hi) as [Hk Hi'].
  unfold assign_all. cbn [foldl fst snd]. fold (assign_all (map_assign k v acc) m).
  rewrite map_assign_last.
  - rewrite IH; [by rewrite <- app_assoc|done|]. apply Forall_app. split; [|by apply Forall_cons_2].
    eapply Forall_impl; [done|]. intros kv Hkv. by apply Forall_cons in Hkv as [_ Hkv].
  - eapply Forall_impl; [done|]. intros kv Hkv. by apply Forall_cons in Hkv as [Hkv _].
Qed.

Lemma denote_tree_of o : ordinary o = true -> denote (tree_of o) = o.
Proof.
  induction o as [f|f r|f r|f r|f r|f v|f s|f l IH|f m IH|f k o IH] using Object_ind; try done; intros H.
  - simpl in H. bool_prop. by subst.
  - simpl in H. bool_prop. by subst.
  - apply ordinary_list in H as [-> H]. cbn [tree_of denote]. f_equal. rewrite List.map_map.
    rewrite <- (List.map_id l) at 2. apply map_ext_Forall. rewrite Forall_forall in *.
    intros a Ha. by apply IH, H.
  - apply ordinary_map in H as (-> & Hi & H). cbn [tree_of denote]. f_equal. rewrite List.map_map. cbn [fst snd].
    assert (List.map (fun x : bytes * Object => (x.1, denote (tree_of x.2))) m = m) as ->.
    { rewrite <- (List.map_id m) at 2. apply map_ext_Forall. rewrite Forall_forall in *.
      intros [k a] Ha. simpl. f_equal. by apply (IH (k, a)), (H (k, a)). }
    by apply (assign_all_increasing []).
Qed.

Lemma ordinary_tree o : ordinary o = true ->
  ordered (tree_of o) = true /\ ints_ok (tree_of o) = true /\ forall mask, writable mask o = true.
Proof.
  induction o as [f|f r|f r|f r|f r|f v|f s|f l IH|f m IH|f k o IH] using Object_ind; try done; intros H.
  - simpl in H. apply andb_true_iff in H as [_ H]. split; [done|]. split; [done|]. intros mask. simpl.
    bool_prop. apply andb_true_iff. split; [apply Z.leb_le|apply Z.ltb_lt]; lia.
  - simpl in H. bool_prop. split; [done|]. split; [done|]. intros. by apply Z.ltb_lt.
  - apply ordinary_list in H as [_ H]. rewrite Forall_forall in *.
    split; [|split; [|intros mask]]; simpl; apply forallb_Forall_iff; rewrite ?Forall_map; apply Forall_forall;
      intros a Ha; destruct (IH a Ha (H a Ha)) as (? & ? & Hw); simpl; [done..|]. by rewrite Hw, orb_true_r.
  - apply ordinary_map in H as (_ & Hi & H). rewrite Forall_forall in *.
    split; [|split; [|intros mask]]; simpl.
    + rewrite List.map_map. replace (List.map _ m) with (List.map fst m) by (by apply List.map_ext).
      rewrite Hi. simpl. apply forallb_Forall_iff. rewrite Forall_map. apply Forall_forall.
      intros a Ha. by apply (IH a Ha (proj2 (H a Ha))).
    + apply forallb_Forall_iff. rewrite Forall_map. apply Forall_forall.
      intros a Ha. by apply (IH a Ha (proj2 (H a Ha))).
    + apply forallb_Forall_iff, Forall_forall. intros a Ha. destruct (IH a Ha (proj2 (H a Ha))) as (_ & _ & Hw).
      rewrite Hw, andb_true_r. rewrite (proj2 (Z.ltb_lt _ _) (proj1 (H a Ha))). by rewrite orb_true_r.
Qed.

(** C21: writing any ordinary object nested less than 1024 deep to a stream and
    reading the bytes back gives the same object and leaves nothing, for
    every allocation policy of the reader's vectors. *)
Theorem write_read_roundtrip (reallocates : nat -> bool) (o : Object) (skip_mask : Z) :
  ordinary o = true -> nesting o < 1024 -> zlen (bencode skip_mask o) < 2 ^ 32 ->
  exists s, object_write_bencode_stream (fun _ => false) [] o skip_mask = Ok s /\
    object_read_bencode_c reallocates s 0 = Ok (o, []).
Proof.
  intros Ho Hn Hz. destruct (ordinary_tree o Ho) as (Hord & Hint & Hwr).
  exists (bencode skip_mask o). split.
  - unfold object_write_bencode_stream.
    destruct (write_absorbs (fun d s => d ++ s) (fun d a b => eq_sym (app_assoc d a b))
      (object_write_to_stream (fun _ => false)) (fun d b s => eq_refl) [] 0 1024 o skip_mask)
      as (b & ->); [lia|lia|apply app_nil_r|by apply ordinary_flags|done|done].
  - rewrite bencode_encode in * by done. unfold object_read_bencode_c.
    rewrite <- (app_nil_r (encode (tree_of o))).
    destruct (read_c_encode reallocates (tree_of o) (read_fuel (encode (tree_of o) ++ [])) 0 [])
      as (o' & Hr & Hd & _ & Hf); [unfold read_fuel; rewrite app_nil_r; lia|lia|done|done|
        change (zlen []) with 0; lia|].
    rewrite Hr. by rewrite <- (Hf Hord), Hd, denote_tree_of.
Qed.

Lemma write_read_roundtrip_witness :
  exists s, object_write_bencode_stream (fun _ => false) [] sample_object 0 = Ok s /\
    object_read_bencode_c (fun n => true) s 0 = Ok (sample_object, []).
Proof.
  apply (write_read_roundtrip (fun n => true) sample_object 0); [reflexivity|reflexivity|reflexivity].
Defined.

End BencodeWrite.
