(* ===== verification/StaticMap.v ===== *)
(** * Messages with a fixed set of keys (src/torrent/object_static_map.h, src/torrent/object_stream.cc)

    DHT packets and extension messages are read into and written from an array
    of objects, one for each key of a constant table.  A key of the table names
    a path: ["a::id*S"] is the entry [id] of the dictionary [a], to be kept as
    a raw string, ["e[]*"] the next element of the list [e].  The reader works
    in two fixed arrays, the path it has read ([current_key]) and the open
    containers ([stack]); an access outside either of them is undefined, and
    [static_map_read_safe] shows there is none, whatever the packet holds.

    A pointer into the table is the part of the table from it on. *)

From S2P Require Import Prelude Object Bencode BencodeWrite.

Module StaticMap.
Import Object Bencode BencodeWrite.

Definition max_key_size : Z := 16.

(** [key] is the array of [max_key_size] characters. *)
Record static_map_mapping_type := mkMapping { index : Z; key : bytes }.

(** An array of characters initialised from a literal. *)
Definition mapping (i : Z) (s : bytes) : static_map_mapping_type :=
  mkMapping i (s ++ replicate (16 - length s) 0).

Definition is_not_key_char (c : Z) : bool := (c =? 0) || (c =? 58) || (c =? 91) || (c =? 42).

(** The index of the character [find_key_end] returns. *)
Definition find_key_end (m : static_map_mapping_type) (pos : Z) : Z :=
  pos + zlen (fst (find_split is_not_key_char (drop (Z.to_nat pos) (key m)))).

Definition key_char (m : static_map_mapping_type) (i : Z) : res Z := of_deref (zlookup (key m) i).

(** An entry of [static_map_stack_type]; [obj_type] is whether it is a map. *)
Record static_map_stack_type := mkStack { key_index : Z; next_key : Z; is_map_type : bool }.

Definition set_key_index (start_index end_index delim_size : Z) (map : bool) : static_map_stack_type :=
  mkStack (u32 start_index) (u32 (end_index + delim_size)) map.

Definition clear_entry : static_map_stack_type := mkStack 0 0 true.

(** The current entry and those under it. *)
Definition stack := (static_map_stack_type * list static_map_stack_type)%type.

Definition stack_push (st : stack) (e : static_map_stack_type) : res stack :=
  _ ← ub_when (8 <=? zlen (snd st) + 1);
  Ok (e, fst st :: snd st).

(** [utils::count_base] *)
Fixpoint count_base (a b : bytes) : Z :=
  match a, b with
  | x :: a, y :: b => if x =? y then 1 + count_base a b else 0
  | _, _ => 0
  end.

(** The characters of an array before its null character. *)
Definition c_str (s : bytes) : bytes := fst (find_split (fun c => c =? 0) s).

(** The entry found, with the table after it, and the length matched; 0 means
    that there is none. *)
Fixpoint find_key_match (first : list static_map_mapping_type) (k : bytes)
    : res (option (static_map_mapping_type * list static_map_mapping_type) * Z) :=
  match first with
  | [] => Ok (None, 0)
  | itr :: next =>
      let base := count_base k (key itr) in
      if base <? zlen k then find_key_match next k
      else
        c ← key_char itr base;
        delimited ←
          (if (c =? 0) || (c =? 42) then Ok true
           else if c =? 58 then d ← key_char itr (base + 1); Ok (d =? 58)
           else if c =? 91 then d ← key_char itr (base + 1); Ok (d =? 93)
           else Ok false);
        if delimited : bool then Ok (Some (itr, next), base) else Ok (None, 0)
  end.

Section Reader.
Variable reallocates : nat -> bool.

Definition store (values : list Object) (i : Z) (o : Object) : res (list Object) :=
  _ ← of_deref (zlookup values i); Ok (zinsert i o values).

(** Skips the elements that no key is left for. *)
Fixpoint skip_rest (fuel : nat) (s : bytes) : res bytes :=
  match s with
  | [] => Ok []
  | c :: s' =>
      if c =? 101 then Ok s'
      else
        match fuel with
        | O => UB
        | S fuel => s ← object_read_bencode_skip_c s; skip_rest fuel s
        end
  end.

(** One element of a list into the entry of [m]; [found] is the mapping the
    search returned. *)
Definition read_element (m found : static_map_mapping_type) (second : Z)
    (values : list Object) (s : bytes) : res (list Object * bytes) :=
  old ← of_deref (zlookup values (index m));
  c ← key_char m (second + 2);
  '(o, s) ←
    (if c =? 42 then ty ← key_char found (second + 1); object_read_bencode_raw_c s old ty
     else object_read_bencode_c reallocates s 0);
  values ← store values (index m) o;
  Ok (values, s).

(** The elements of a list, one for each key of the table that equals the one
    before it; the result has the new [first_key]. *)
Fixpoint read_elements (m : static_map_mapping_type) (rest : list static_map_mapping_type)
    (found : static_map_mapping_type) (second : Z) (values : list Object) (s : bytes)
    : res (list Object * list static_map_mapping_type * bytes) :=
  match s with
  | [] => Ok (values, m :: rest, s)
  | c :: s' =>
      if c =? 101 then Ok (values, m :: rest, s')
      else
        '(values, s) ← read_element m found second values s;
        match rest with
        | [] => s ← skip_rest (length s) s; Ok (values, [], s)
        | m' :: rest' =>
            if str_eqb (c_str (key m')) (c_str (key m))
            then read_elements m' rest' found second values s
            else s ← skip_rest (length s) s; Ok (values, rest, s)
        end
  end.

Record read_state := mkRead {
  r_stack : stack;
  current_key : bytes;
  first_key : list static_map_mapping_type;
  entry_values : list Object
}.

(** [memcpy] into [current_key] at an index. *)
Definition put (k : bytes) (i : Z) (s : bytes) : res bytes :=
  _ ← ub_when (negb ((0 <=? i) && (i + zlen s <=? zlen k)));
  Ok (take (Z.to_nat i) k ++ s ++ drop (Z.to_nat i + length s) k).

Definition with_key (st : read_state) (k : bytes) : read_state :=
  mkRead (r_stack st) k (first_key st) (entry_values st).

(** The value after a key of the table. *)
Definition read_found (st : read_state) (m : static_map_mapping_type)
    (next : list static_map_mapping_type) (second : Z) (s : bytes) : res (read_state * bytes) :=
  c ← key_char m second;
  if c =? 0 then
    '(o, s) ← object_read_bencode_c reallocates s 0;
    values ← store (entry_values st) (index m) o;
    Ok (mkRead (r_stack st) (current_key st) next values, s)
  else if c =? 42 then
    old ← of_deref (zlookup (entry_values st) (index m));
    ty ← key_char m (second + 1);
    '(o, s) ← object_read_bencode_raw_c s old ty;
    values ← store (entry_values st) (index m) o;
    Ok (mkRead (r_stack st) (current_key st) next values, s)
  else if c =? 58 then
    match s with
    | [] => Ok (st, [])
    | d :: s' =>
        if negb (d =? 100) then s ← object_read_bencode_skip_c s; Ok (st, s)
        else
          stk ← stack_push (r_stack st)
                  (set_key_index (next_key (fst (r_stack st))) second 2 true);
          k ← put (current_key st) second [58; 58];
          Ok (mkRead stk k (first_key st) (entry_values st), s')
    end
  else if c =? 91 then
    match s with
    | [] => Ok (st, [])
    | d :: s' =>
        if negb (d =? 108) then s ← object_read_bencode_skip_c s; Ok (st, s)
        else
          '(values, fk, s) ← read_elements m next m second (entry_values st) s';
          Ok (mkRead (r_stack st) (current_key st) fk values, s)
    end
  else Throw internal_error.

(** One key and its value. *)
Definition read_entry (st : read_state) (s : bytes) : res (read_state * bytes) :=
  '(raw_key, s) ← object_read_bencode_c_string s;
  let next := next_key (fst (r_stack st)) in
  if u64 (max_key_size - next) <=? zlen raw_key then
    s ← object_read_bencode_skip_c s; Ok (st, s)
  else
    k ← put (current_key st) next (raw_key ++ [0]);
    '(found, second) ← find_key_match (first_key st) (c_str k);
    match found with
    | Some (m, next) =>
        if second =? 0 then s ← object_read_bencode_skip_c s; Ok (with_key st k, s)
        else read_found (with_key st k) m next second s
    | None => s ← object_read_bencode_skip_c s; Ok (with_key st k, s)
    end.

(** Each round takes at least one byte. *)
Fixpoint read_entries (fuel : nat) (st : read_state) (s : bytes) : res (list Object * bytes) :=
  match s with
  | [] => Throw bencode_error
  | c :: s' =>
      match fuel with
      | O => UB
      | S fuel =>
          if c =? 101 then
            match snd (r_stack st) with
            | [] => Ok (entry_values st, s')
            | e :: l =>
                read_entries fuel
                  (mkRead (e, l) (current_key st) (first_key st) (entry_values st)) s'
            end
          else '(st, s) ← read_entry st s; read_entries fuel st s
      end
  end.

Definition static_map_read_bencode_c (s : bytes) (values : list Object)
    (table : list static_map_mapping_type) : res (list Object * bytes) :=
  match s with
  | [] => Throw bencode_error
  | c :: s =>
      if negb (c =? 100) then Throw bencode_error
      else read_entries (length s) (mkRead (clear_entry, []) (replicate 18 0) table values) s
  end.

End Reader.

(** ** The writer *)

Section Writer.
Context {D : Type}.
Variable writeFunc : D -> object_buffer_t -> bytes -> res (D * object_buffer_t).

(** [while (base_size < stack_itr->next_key) { write 'e'; stack_itr--; }] *)
Fixpoint close_to (base_size : Z) (top : static_map_stack_type) (under : list static_map_stack_type)
    (w : object_write_data_t D) : res (stack * object_write_data_t D) :=
  if next_key top <=? base_size then Ok ((top, under), w)
  else
    w ← object_write_bencode_c_char writeFunc w 101;
    match under with
    | [] => UB
    | e :: under => close_to base_size e under w
    end.

(** The rest of a key from [key_begin] on and its object; a key has at most
    [max_key_size] parts. *)
Fixpoint write_path (fuel : nat) (m : static_map_mapping_type) (o : Object) (key_begin : Z)
    (stk : stack) (w : object_write_data_t D) : res (stack * object_write_data_t D) :=
  match fuel with
  | O => UB
  | S fuel =>
      let key_end := find_key_end m key_begin in
      w ← (if is_map_type (fst stk) then
             object_write_bencode_c_obj_string writeFunc w
               (take (Z.to_nat (key_end - key_begin)) (drop (Z.to_nat key_begin) (key m)))
           else Ok w);
      c ← key_char m key_end;
      nested ← (if c =? 58 then d ← key_char m (key_end + 1); Ok (d =? 58) else Ok false);
      if nested : bool then
        stk ← stack_push stk (set_key_index key_begin key_end 2 true);
        w ← object_write_bencode_c_char writeFunc w 100;
        write_path fuel m o (key_end + 2) stk w
      else
        listed ← (if c =? 91 then d ← key_char m (key_end + 1); Ok (d =? 93) else Ok false);
        if listed : bool then
          stk ← stack_push stk (set_key_index key_begin key_end 2 false);
          w ← object_write_bencode_c_char writeFunc w 108;
          write_path fuel m o (key_end + 2) stk w
        else if negb (c =? 0) && negb (c =? 42) then Throw internal_error
        else
          w ← object_write_bencode_c_object writeFunc w o 0;
          Ok (stk, w)
  end.

(** [prev] is the key of the last entry written. *)
Fixpoint write_keys (table : list static_map_mapping_type) (values : list Object)
    (prev : option static_map_mapping_type) (stk : stack) (w : object_write_data_t D)
    : res (stack * object_write_data_t D) :=
  match table with
  | [] => Ok (stk, w)
  | m :: table =>
      o ← of_deref (zlookup values (index m));
      if is_empty o then write_keys table values prev stk w
      else
        let n := Z.to_nat (next_key (fst stk)) in
        base_size ←
          (match prev with
           | Some p => Ok (count_base (take n (key m)) (take n (key p)))
           | None => _ ← ub_when (0 <? next_key (fst stk)); Ok 0
           end);
        '(stk, w) ← close_to base_size (fst stk) (snd stk) w;
        '(stk, w) ← write_path 16 m o (next_key (fst stk)) stk w;
        write_keys table values (Some m) stk w
  end.

Fixpoint close_all (under : list static_map_stack_type) (w : object_write_data_t D) : res (object_write_data_t D) :=
  w ← object_write_bencode_c_char writeFunc w 101;
  match under with
  | [] => Ok w
  | _ :: under => close_all under w
  end.

Definition static_map_write_bencode_c_values (w : object_write_data_t D) (values : list Object)
    (table : list static_map_mapping_type) : res (object_write_data_t D) :=
  w ← object_write_bencode_c_char writeFunc w 100;
  '(stk, w) ← write_keys table values None (clear_entry, []) w;
  close_all (snd stk) w.

Definition static_map_write_bencode_c_wrap (d : D) (b : object_buffer_t) (values : list Object)
    (table : list static_map_mapping_type) : res (D * object_buffer_t) :=
  w ← static_map_write_bencode_c_values (mkWriteData d b []) values table;
  if pos w =? fst (buffer w) then Ok (data w, buffer w)
  else writeFunc (data w) (fst (buffer w), pos w) (out w).

End Writer.

(** ** The tables of the program *)

(** The bytes of a literal. *)
Definition ascii_bytes (s : string) : bytes :=
  (fun a => Z.of_N (Ascii.N_of_ascii a)) <$> String.list_ascii_of_string s.

(** [ExtHandshakeMessage::keys], [ExtPEXMessage::keys] and
    [ExtMetadataMessage::keys]. *)
Definition ext_handshake_keys : list static_map_mapping_type :=
  [ mapping 0 (ascii_bytes "e"); mapping 1 (ascii_bytes "m::ut_metadata");
    mapping 2 (ascii_bytes "m::ut_pex"); mapping 3 (ascii_bytes "metadata_size");
    mapping 4 (ascii_bytes "p"); mapping 5 (ascii_bytes "reqq"); mapping 6 (ascii_bytes "v") ].

Definition ext_pex_keys : list static_map_mapping_type := [ mapping 0 (ascii_bytes "added*S") ].

Definition ext_metadata_keys : list static_map_mapping_type :=
  [ mapping 0 (ascii_bytes "msg_type"); mapping 1 (ascii_bytes "piece");
    mapping 2 (ascii_bytes "total_size") ].

(** [DhtMessage::keys] *)
Definition dht_keys : list static_map_mapping_type :=
  [ mapping 0 (ascii_bytes "a::id*S"); mapping 1 (ascii_bytes "a::info_hash*S");
    mapping 2 (ascii_bytes "a::port"); mapping 3 (ascii_bytes "a::target*S");
    mapping 4 (ascii_bytes "a::token*S"); mapping 5 (ascii_bytes "e[]*");
    mapping 6 (ascii_bytes "e[]*"); mapping 7 (ascii_bytes "q*S");
    mapping 8 (ascii_bytes "r::id*S"); mapping 9 (ascii_bytes "r::nodes*S");
    mapping 10 (ascii_bytes "r::token*S"); mapping 11 (ascii_bytes "r::values*L");
    mapping 12 (ascii_bytes "t*S"); mapping 13 (ascii_bytes "v*"); mapping 14 (ascii_bytes "y*S") ].

(** ** The reader is safe *)

(** A character array initialised from a literal ends in a null character. *)
Definition key_ok (m : static_map_mapping_type) : Prop :=
  length (key m) = 16%nat /\ key m !! 15%nat = Some 0.

Definition table_ok (n : Z) (t : list static_map_mapping_type) : Prop :=
  Forall (fun m => key_ok m /\ 0 <= index m < n) t.

(** What a step of the reader may do with the input: consume a part of it, or
    throw [bencode_error]. *)
Definition within {A} (P : A -> Prop) (s : bytes) (r : res (A * bytes)) : Prop :=
  match r with
  | Ok (a, rest) => P a /\ exists pre, s = pre ++ rest
  | Throw e => e = bencode_error
  | UB => False
  end.

Lemma within_bind {A B} (P : A -> Prop) (Q : B -> Prop) s m f :
  within P s m -> (forall a rest, P a -> (exists pre, s = pre ++ rest) -> within Q rest (f (a, rest))) ->
  within Q s (m ≫= f).
Proof.
  intros Hm Hf. destruct m as [[a rest]|e|]; [|done..]. res_simpl. destruct Hm as [Ha [pre ->]].
  specialize (Hf a rest Ha (ex_intro _ pre eq_refl)). destruct (f (a, rest)) as [[b r]|e|]; [|done..].
  destruct Hf as [Hb [pre' ->]]. split; [done|]. exists (pre ++ pre'). by rewrite app_assoc.
Qed.

Lemma good_within {A} s (m : res (A * bytes)) : good s m -> within (fun _ => True) s m.
Proof.
  destruct m as [[a r]|e|]; [|done..]. intros (c & pre & ->). split; [done|]. by exists (c :: pre).
Qed.

Lemma input_ok_suffix s pre rest : s = pre ++ rest -> input_ok s -> input_ok rest.
Proof.
  intros -> [Hu Hs]. split; [by apply Forall_app in Hu as [_ Hu]|by apply short_numbers_suffix in Hs].
Qed.

(** The result of a function that only returns the rest. *)
Definition rest_of (m : res bytes) : res (unit * bytes) := r ← m; Ok (tt, r).

Lemma skip_string_good s : good s (rest_of (skip_string s)).
Proof.
  unfold rest_of, skip_string. pose proof (read_string_good s) as H.
  by destruct (object_read_bencode_c_string s) as [[str r]|e|].
Qed.

Lemma skip_value_good s : good s (rest_of (skip_value s)).
Proof.
  unfold rest_of, skip_value.
  assert (Hd : forall t, good t (r ← match skip_digits t with
      | e :: r => if e =? 101 then Ok r else Throw bencode_error
      | [] => Throw bencode_error end; Ok (tt, r))).
  { intros t. unfold skip_digits. pose proof (find_split_app (fun c => negb (is_digit c)) t) as Ht.
    destruct (find_split _ t) as [a [|e r]]; simpl in *; [done|]. destruct (e =? 101); [|done].
    simpl. rewrite <- Ht. destruct a as [|x a]; [by exists e, []|].
    exists x, (a ++ [e]). simpl. by rewrite <- app_assoc. }
  destruct s as [|c s]; [done|]. destruct (c =? 45); [|apply (Hd (c :: s))].
  destruct s as [|d s]; [done|]. destruct (d =? 48); [done|].
  apply (good_trans (c :: d :: s) (d :: s) tt); [by exists c, []|]. apply (Hd (d :: s)).
Qed.

Lemma rest_of_good s m r : good s (rest_of m) -> m = Ok r -> good s (Ok (tt, r)).
Proof. intros H ->. exact H. Qed.

Lemma skip_loop_good fuel stk s : (length s < fuel)%nat -> good s (rest_of (skip_loop fuel stk s)).
Proof.
  revert stk s. induction fuel as [|fuel IH]; intros stk s Hf; [lia|]. cbn [skip_loop].
  destruct s as [|c s]; [done|]. cbn [length] in Hf. destruct (c =? 101).
  { destruct stk as [|b [|b' stk]]; [done|by exists c, []|].
    apply (good_trans (c :: s) s tt); [by exists c, []|]. apply IH. lia. }
  assert (Hin : forall t, (length t < S fuel)%nat ->
    good t (rest_of match t with
      | [] => Throw bencode_error
      | c :: s' =>
          if (c =? 108) || (c =? 100) then
            if zlen stk + 1 =? 128 then Throw bencode_error else skip_loop fuel ((c =? 100) :: stk) s'
          else r ← (if c =? 105 then skip_value s' else skip_string t);
               match stk with [] => Ok r | _ => skip_loop fuel stk r end
      end)).
  { intros [|d t] Ht; [done|]. cbn [length] in Ht. destruct ((d =? 108) || (d =? 100)).
    { destruct (zlen stk + 1 =? 128); [done|]. apply (good_trans (d :: t) t tt); [by exists d, []|]. apply IH. lia. }
    assert (Hv : good (d :: t) (rest_of (if d =? 105 then skip_value t else skip_string (d :: t)))).
    { destruct (d =? 105); [|apply skip_string_good].
      apply (good_trans (d :: t) t tt); [by exists d, []|apply skip_value_good]. }
    destruct (if d =? 105 then skip_value t else skip_string (d :: t)) as [r|e|]; [|done..]. res_simpl.
    destruct stk as [|b stk]; [done|]. apply (good_trans (d :: t) r tt); [done|]. apply IH.
    apply good_length in Hv. simpl in Hv. lia. }
  destruct (on_dict stk); [|apply (Hin (c :: s)); simpl; lia].
  pose proof (skip_string_good (c :: s)) as Hs.
  destruct (skip_string (c :: s)) as [r|e|]; [|done..]. res_simpl.
  apply (good_trans (c :: s) r tt); [done|]. apply Hin. apply good_length in Hs. simpl in *. lia.
Qed.

Lemma skip_good s : good s (rest_of (object_read_bencode_skip_c s)).
Proof. apply skip_loop_good. lia. Qed.

(** A skipped object that starts with a digit is a string, and has its colon. *)
Lemma skip_string_colon c s r : object_read_bencode_skip_c (c :: s) = Ok r ->
  48 <= schar c <= 57 ->
  snd (find_split (fun c => c =? 58) (take (length (c :: s) - length r) (c :: s))) <> [].
Proof.
  unfold object_read_bencode_skip_c. cbn [skip_loop on_dict]. intros H Hc.
  assert (Hne : forall k, k <> 58 -> 57 < k < 128 -> (c =? k) = false).
  { intros k _ Hk. apply Z.eqb_neq. intros ->. unfold schar in Hc.
    destruct (k <? 128) eqn:E; bool_prop; lia. }
  rewrite (Hne 101) in H by lia. res_simpl. rewrite (Hne 108), (Hne 100), (Hne 105) in H by lia.
  cbn [orb] in H. unfold skip_string in H. res_inv. destruct v as [str r']. res_inv.
  unfold object_read_bencode_c_string in *.
  destruct (length_loop (Z.shiftl 1 31) (c :: s)) as [len t] eqn:El.
  destruct (length_loop_suffix (Z.shiftl 1 31) (c :: s)) as [pre Hp]. rewrite El in Hp. cbn [snd] in Hp.
  destruct (_ || _); [done|]. destruct t as [|d t]; [done|]. destruct (d =? 58) eqn:Ed; [|done].
  bool_prop. simplify_eq. rewrite Hp.
  replace (length (pre ++ 58%Z :: t) - length (drop (Z.to_nat len) t))%nat
    with (length (pre ++ [58%Z]) + (length t - length (drop (Z.to_nat len) t)))%nat
    by (rewrite !length_app; simpl; rewrite length_drop; lia).
  replace (pre ++ 58 :: t) with ((pre ++ [58]) ++ t) by (by rewrite <- app_assoc).
  rewrite take_app_add. clear. induction pre as [|x pre IH]; simpl; [done|].
  destruct (x =? 58); [done|]. by destruct (find_split _ _).
Qed.

Lemma raw_reader_good s old ty : Forall is_u8 s -> good s (object_read_bencode_raw_c s old ty).
Proof.
  intros _. unfold object_read_bencode_raw_c. pose proof (skip_good s) as Hs.
  destruct (object_read_bencode_skip_c s) as [r|e|] eqn:Es; [|done..]. res_simpl.
  set (obj := take (length s - length r) s).
  assert (Hdone : forall o : Object, good s (Ok (o, r))) by (intros o; exact Hs).
  destruct (ty =? 83).
  { destruct (is_raw_string obj) eqn:Er; [|apply Hdone]. unfold as_raw_string. rewrite Er. res_simpl.
    assert (Hcolon : snd (find_split (fun c => c =? 58) obj) <> []).
    { unfold is_raw_string, raw_first in Er. bool_prop. destruct s as [|c s]; [by destruct Hs as (? & ? & ?)|].
      apply (skip_string_colon c s r Es). subst obj. apply good_length in Hs.
      destruct (length (c :: s) - length r)%nat as [|k] eqn:Ek; [lia|]. simpl in *. lia. }
    destruct (snd (find_split _ obj)); [done|]. apply Hdone. }
  destruct (ty =? 76).
  { destruct (is_raw_list obj) eqn:Er; [|apply Hdone]. unfold as_raw_list. rewrite Er. apply Hdone. }
  destruct (ty =? 77).
  { destruct (is_raw_map obj) eqn:Er; [|apply Hdone]. unfold as_raw_map. rewrite Er. apply Hdone. }
  apply Hdone.
Qed.

Lemma count_base_le a b : 0 <= count_base a b <= zlen a.
Proof.
  revert b. induction a as [|x a IH]; intros [|y b]; simpl; unfold zlen in *; simpl; [lia..|].
  destruct (x =? y); [specialize (IH b)|]; lia.
Qed.

(** The match stops at the null character of the key. *)
Lemma count_base_key k m : Forall (fun c => c <> 0) k -> key_ok m -> count_base k (key m) <= 15.
Proof.
  intros Hk [Hl H0]. destruct (Z.le_gt_cases (count_base k (key m)) 15) as [|Hg]; [done|exfalso].
  assert (Hpre : forall a b i, Z.of_nat i < count_base a b -> a !! i = b !! i).
  { clear. induction a as [|x a IH]; intros [|y b] i Hi; simpl in *; [lia..|].
    destruct (Z.eqb_spec x y) as [->|]; [|lia]. destruct i as [|i]; [done|]. cbn [lookup list_lookup]. apply (IH b i). lia. }
  specialize (Hpre k (key m) 15%nat ltac:(lia)). rewrite H0 in Hpre.
  rewrite Forall_lookup in Hk. by apply (Hk 15%nat 0 Hpre).
Qed.

Lemma key_char_ok m i : key_ok m -> 0 <= i <= 15 -> exists c, key_char m i = Ok c /\ zlookup (key m) i = Some c.
Proof.
  intros [Hl _] Hi. unfold key_char. destruct (zlookup_lt_is_Some (key m) i) as [c Hc]; [unfold zlen; lia|].
  rewrite Hc. by exists c.
Qed.

Lemma key_char_at m i c : zlookup (key m) i = Some c -> key_char m i = Ok c.
Proof. unfold key_char. by intros ->. Qed.

Lemma key_char_not_last m i c : key_ok m -> zlookup (key m) i = Some c -> c <> 0 -> 0 <= i <= 14.
Proof.
  intros [Hl H0] Hc Hn. pose proof (zlookup_Some_lt _ _ _ Hc) as Hi. unfold zlen in Hi.
  destruct (Z.eq_dec i 15) as [->|]; [|lia]. change 15 with (Z.of_nat 15) in Hc.
  rewrite zlookup_nat, H0 in Hc. congruence.
Qed.

(** How a key goes on where a match ends. *)
Inductive delimiter (m : static_map_mapping_type) (i : Z) : Prop :=
  | at_end : zlookup (key m) i = Some 0 -> delimiter m i
  | at_raw : zlookup (key m) i = Some 42 -> delimiter m i
  | at_map : zlookup (key m) i = Some 58 -> zlookup (key m) (i + 1) = Some 58 -> delimiter m i
  | at_list : zlookup (key m) i = Some 91 -> zlookup (key m) (i + 1) = Some 93 -> delimiter m i.

Lemma find_key_match_ok n t k : table_ok n t -> Forall (fun c => c <> 0) k ->
  exists o b, find_key_match t k = Ok (o, b) /\
    match o with
    | None => b = 0
    | Some (m, next) => b = zlen k /\ b <= 15 /\ key_ok m /\ 0 <= index m < n /\ table_ok n next /\ delimiter m b
    end.
Proof.
  intros Ht Hk. induction Ht as [|m t [Hm Hi] Ht IH]; cbn [find_key_match]; [by exists None, 0|].
  destruct (count_base k (key m) <? zlen k) eqn:Eb; [done|]. bool_prop.
  pose proof (count_base_le k (key m)) as Hle. pose proof (count_base_key k m Hk Hm) as H15.
  assert (Hz : count_base k (key m) = zlen k) by lia. rewrite Hz in *.
  destruct (key_char_ok m (zlen k) Hm) as (c & -> & Hc); [lia|]. res_simpl.
  assert (Hyes : delimiter m (zlen k) -> exists o b, Ok (Some (m, t), zlen k) = Ok (o, b) /\
    match o with
    | None => b = 0
    | Some (m, next) => b = zlen k /\ b <= 15 /\ key_ok m /\ 0 <= index m < n /\ table_ok n next /\ delimiter m b
    end) by (intros Hd; by exists (Some (m, t)), (zlen k)).
  assert (Hno : exists o b, Ok (@None (static_map_mapping_type * list static_map_mapping_type), 0) = Ok (o, b) /\
    match o with
    | None => b = 0
    | Some (m, next) => b = zlen k /\ b <= 15 /\ key_ok m /\ 0 <= index m < n /\ table_ok n next /\ delimiter m b
    end) by (by exists None, 0).
  destruct ((c =? 0) || (c =? 42)) eqn:E0.
  { apply Hyes. apply orb_true_iff in E0 as [E0|E0]; bool_prop; subst c; [by apply at_end|by apply at_raw]. }
  bool_prop. destruct (c =? 58) eqn:E1.
  { bool_prop. subst c. pose proof (key_char_not_last _ _ _ Hm Hc ltac:(lia)).
    destruct (key_char_ok m (zlen k + 1) Hm) as (d & -> & Hd); [lia|]. res_simpl.
    destruct (d =? 58) eqn:E2; bool_prop; subst; [by apply Hyes, at_map|done]. }
  destruct (c =? 91) eqn:E2; [|done]. bool_prop. subst c.
  pose proof (key_char_not_last _ _ _ Hm Hc ltac:(lia)).
  destruct (key_char_ok m (zlen k + 1) Hm) as (d & -> & Hd); [lia|]. res_simpl.
  destruct (d =? 93) eqn:E3; bool_prop; subst; [by apply Hyes, at_list|done].
Qed.

Section Safety.
Variable reallocates : nat -> bool.
Variable n : Z.
(** A property of objects that both readers establish or keep. *)
Variable V : Object -> Prop.
Hypothesis V_read : forall s o r, input_ok s -> object_read_bencode_c reallocates s 0 = Ok (o, r) -> V o.
Hypothesis V_raw : forall s old ty o r, Forall is_u8 s -> V old -> object_read_bencode_raw_c s old ty = Ok (o, r) -> V o.

Definition values_ok (values : list Object) : Prop := zlen values = n /\ Forall V values.

Lemma values_lookup values i : values_ok values -> 0 <= i < n -> exists x, zlookup values i = Some x /\ V x.
Proof.
  intros [Hv Hf] Hi. destruct (zlookup_lt_is_Some values i) as [x Hx]; [lia|]. exists x. split; [done|].
  rewrite <- (Z2Nat.id i), zlookup_nat in Hx by lia. by apply (Forall_lookup_1 _ _ _ _ Hf Hx).
Qed.

Lemma value_store_ok values i o : values_ok values -> 0 <= i < n -> V o ->
  exists values', store values i o = Ok values' /\ values_ok values'.
Proof.
  intros Hv Hi Ho. unfold store. destruct (values_lookup values i Hv Hi) as (x & -> & _). res_simpl.
  destruct Hv as [Hv Hf]. eexists. split; [done|]. split; [by rewrite zlen_zinsert|].
  rewrite <- (Z2Nat.id i), zinsert_nat by lia. by apply Forall_insert.
Qed.

Lemma reader_good0 s : input_ok s -> good s (object_read_bencode_c reallocates s 0).
Proof. intros Hi. by apply (reader_good reallocates (read_fuel s)). Qed.

Lemma skip_rest_ok fuel s : (length s <= fuel)%nat -> within (fun _ => True) s (rest_of (skip_rest fuel s)).
Proof.
  revert s. induction fuel as [|fuel IH]; intros [|c s] Hf; cbn [skip_rest].
  - split; [done|]. by exists [].
  - simpl in Hf. lia.
  - split; [done|]. by exists [].
  - destruct (c =? 101); [split; [done|by exists [c]]|]. pose proof (skip_good (c :: s)) as Hs.
    destruct (object_read_bencode_skip_c (c :: s)) as [r|e|]; [|done..]. res_simpl.
    pose proof (good_length _ _ _ Hs) as Hl. specialize (IH r ltac:(simpl in *; lia)).
    destruct (skip_rest fuel r) as [r'|e|]; [|done..]. destruct IH as [_ [pre ->]], Hs as (c' & pre' & ->).
    split; [done|]. exists (c' :: pre' ++ pre). simpl. by rewrite <- app_assoc.
Qed.

Lemma read_element_ok m found second values s : key_ok m -> key_ok found -> 0 <= second -> second + 2 <= 15 ->
  0 <= index m < n -> values_ok values -> input_ok s ->
  good s (read_element reallocates m found second values s) /\
  forall v r, read_element reallocates m found second values s = Ok (v, r) -> values_ok v.
Proof.
  intros Hm Hf H0 H15 Hi Hv Hs. unfold read_element.
  destruct (values_lookup values (index m) Hv Hi) as (old & -> & Hold). res_simpl.
  destruct (key_char_ok m (second + 2) Hm) as (c & -> & _); [lia|]. res_simpl.
  set (rd := if c =? 42 then _ else _).
  assert (Hr : good s rd /\ forall o r, rd = Ok (o, r) -> V o).
  { subst rd. destruct (c =? 42); [|split; [by apply reader_good0|intros o r; by apply V_read]].
    destruct (key_char_ok found (second + 1) Hf) as (ty & -> & _); [lia|]. res_simpl.
    split; [apply raw_reader_good, Hs|intros o r; apply V_raw; [apply Hs|done]]. }
  destruct Hr as [Hr Hr2]. destruct rd as [[o r]|e|]; [|by split..]. res_simpl. specialize (Hr2 o r eq_refl).
  destruct (value_store_ok values (index m) o Hv Hi Hr2) as (v' & -> & Hv'). res_simpl.
  split; [done|]. intros v r' [= <- <-]. done.
Qed.

Lemma read_elements_ok m rest found second values s : table_ok n (m :: rest) -> key_ok found ->
  0 <= second -> second + 2 <= 15 -> values_ok values -> input_ok s ->
  within (fun p => values_ok p.1 /\ table_ok n p.2) s
    (read_elements reallocates m rest found second values s).
Proof.
  intros Ht Hf H0 H15. revert m values s Ht. induction rest as [|m' rest IH]; intros m values s Ht Hv Hs;
    apply Forall_cons in Ht as [[Hm Hi] Ht']; destruct s as [|c s]; cbn [read_elements];
    try (split; [split; [done|by apply Forall_cons]|by exists []]); (destruct (c =? 101); [split; [split; [done|by apply Forall_cons]|by exists [c]]|]);
    destruct (read_element_ok m found second values (c :: s)) as [Hg Hz]; try done;
    (destruct (read_element reallocates m found second values (c :: s)) as [[v r]|e|]; [|done..]);
    specialize (Hz v r eq_refl); res_simpl.
  - pose proof (skip_rest_ok (length r) r ltac:(lia)) as Hk.
    destruct (skip_rest (length r) r) as [r'|e|]; [|done..]. res_simpl.
    destruct Hk as [_ [pre ->]], Hg as (c' & pre' & ->). split; [done|].
    exists (c' :: pre' ++ pre). simpl. by rewrite <- app_assoc.
  - assert (Hr : input_ok r) by (by apply (input_ok_rest _ _ _ Hg)).
    destruct (str_eqb _ _).
    + pose proof (IH m' v r Ht' Hz Hr) as Hk.
      destruct (read_elements reallocates m' rest found second v r) as [[p r']|e|]; [|done..].
      destruct Hk as [Hp [pre ->]], Hg as (c' & pre' & ->). split; [done|].
      exists (c' :: pre' ++ pre). simpl. by rewrite <- app_assoc.
    + pose proof (skip_rest_ok (length r) r ltac:(lia)) as Hk.
      destruct (skip_rest (length r) r) as [r'|e|]; [|done..]. res_simpl.
      destruct Hk as [_ [pre ->]], Hg as (c' & pre' & ->). split; [done|].
      exists (c' :: pre' ++ pre). simpl. by rewrite <- app_assoc.
Qed.

(** The open containers, each with a longer path than the one it is in. *)
Fixpoint levels (top : static_map_stack_type) (under : list static_map_stack_type) : Prop :=
  match under with
  | [] => next_key top = 0
  | e :: under => next_key e + 2 <= next_key top <= 15 /\ levels e under
  end.

Lemma levels_depth top under : levels top under -> 2 * zlen under <= next_key top <= 15.
Proof.
  revert top. induction under as [|e under IH]; intros top; cbn [levels].
  - intros ->. by vm_compute.
  - intros [H1 H2]. specialize (IH e H2). unfold zlen in *. simpl. lia.
Qed.

Record state_ok (st : read_state) : Prop := {
  so_values : values_ok (entry_values st);
  so_key : length (current_key st) = 18%nat;
  so_table : table_ok n (first_key st);
  so_levels : levels (fst (r_stack st)) (snd (r_stack st));
  so_path : Forall (fun c => c <> 0) (take (Z.to_nat (next_key (fst (r_stack st)))) (current_key st))
}.

Lemma state_top_ok st : state_ok st -> 0 <= next_key (fst (r_stack st)) <= 15.
Proof. intros H. pose proof (levels_depth _ _ (so_levels _ H)). pose proof (zlen_nonneg (snd (r_stack st))). lia. Qed.

Lemma put_ok k i s : 0 <= i -> i + zlen s <= zlen k ->
  put k i s = Ok (take (Z.to_nat i) k ++ s ++ drop (Z.to_nat i + length s) k).
Proof.
  intros H1 H2. unfold put. rewrite (proj2 (Z.leb_le 0 i)) by lia.
  by rewrite (proj2 (Z.leb_le (i + zlen s) (zlen k))) by lia.
Qed.

Lemma put_length (k : bytes) i (s : bytes) : 0 <= i -> i + zlen s <= zlen k ->
  length (take (Z.to_nat i) k ++ s ++ drop (Z.to_nat i + length s) k) = length k.
Proof. unfold zlen. intros. rewrite !length_app, length_take, length_drop. lia. Qed.

Lemma c_str_no_null k : Forall (fun c => c <> 0) (c_str k).
Proof.
  unfold c_str. eapply Forall_impl; [apply find_split_pre|]. intros c H. cbv beta in H. by bool_prop.
Qed.

Lemma c_str_take k : take (length (c_str k)) k = c_str k.
Proof.
  unfold c_str. rewrite <- (find_split_app (fun c => c =? 0) k) at 2. apply take_app_length.
Qed.

Lemma c_str_prefix (a k : bytes) : Forall (fun c => c <> 0) a -> (length a <= length (c_str (a ++ k)))%nat.
Proof.
  unfold c_str. induction 1 as [|c a Hc _ IH]; simpl; [lia|].
  rewrite (proj2 (Z.eqb_neq c 0)) by done. destruct (find_split _ (a ++ k)). simpl in *. lia.
Qed.

Lemma read_found_ok st m next second s :
  state_ok st -> key_ok m -> 0 <= index m < n -> table_ok n next -> delimiter m second ->
  next_key (fst (r_stack st)) <= second <= 15 ->
  Forall (fun c => c <> 0) (take (Z.to_nat second) (current_key st)) -> input_ok s ->
  within state_ok s (read_found reallocates st m next second s).
Proof.
  intros Hst Hm Hi Hn Hd Hb Hp Hs. pose proof (state_top_ok st Hst) as Htop.
  assert (Hskip : forall c t, within state_ok (c :: t)
    (s ← object_read_bencode_skip_c (c :: t); Ok (st, s))).
  { intros c t. pose proof (good_within _ _ (skip_good (c :: t))) as H.
    destruct (object_read_bencode_skip_c (c :: t)); [|done..]. by split; [|apply H]. }
  assert (Hleaf : forall rd : res (Object * bytes), good s rd -> (forall o r, rd = Ok (o, r) -> V o) -> within state_ok s
    ('(o, s) ← rd; values ← store (entry_values st) (index m) o;
     Ok (mkRead (r_stack st) (current_key st) next values, s))).
  { intros rd Hr HV. assert (Hr' : within V s rd).
    { apply good_within in Hr. destruct rd as [[o r]|e|]; [|done..]. split; [by apply (HV o r)|apply Hr]. }
    eapply within_bind; [exact Hr'|]. intros o r Ho _.
    destruct (value_store_ok (entry_values st) (index m) o (so_values _ Hst) Hi Ho) as (v' & -> & Hv'). res_simpl.
    split; [|by exists []]. by split; try apply Hst. }
  unfold read_found. destruct Hd as [Hc|Hc|Hc Hc2|Hc Hc2]; 
    rewrite (key_char_at _ _ _ Hc); res_simpl.
  - apply Hleaf; [by apply reader_good0|intros o r; by apply V_read].
  - change (42 =? 0) with false. change (42 =? 42) with true. res_simpl.
    destruct (values_lookup (entry_values st) (index m) (so_values _ Hst) Hi) as (old & -> & Hold).
    pose proof (key_char_not_last _ _ _ Hm Hc ltac:(lia)).
    destruct (key_char_ok m (second + 1) Hm) as (ty & -> & _); [lia|]. res_simpl.
    apply Hleaf; [apply raw_reader_good, Hs|intros o r; apply V_raw; [apply Hs|done]].
  - change (58 =? 0) with false. change (58 =? 42) with false. change (58 =? 58) with true. res_simpl.
    destruct s as [|d s]; [split; [done|by exists []]|].
    destruct (d =? 100); cbn [negb]; [|apply Hskip].
    pose proof (key_char_not_last _ _ _ Hm Hc2 ltac:(lia)) as H14.
    unfold stack_push. pose proof (levels_depth _ _ (so_levels _ Hst)).
    rewrite (proj2 (Z.leb_gt 8 (zlen (snd (r_stack st)) + 1))) by lia. res_simpl.
    rewrite put_ok by (unfold zlen; rewrite ?(so_key _ Hst); simpl; lia). res_simpl.
    split; [|by exists [d]]. unfold set_key_index. split; cbn [entry_values current_key first_key r_stack fst snd next_key].
    + apply Hst.
    + rewrite put_length by (unfold zlen; rewrite ?(so_key _ Hst); simpl; lia). apply Hst.
    + apply Hst.
    + cbn [levels next_key]. rewrite u32_small by lia. split; [lia|apply Hst].
    + rewrite u32_small by lia. replace (Z.to_nat (second + 2)) with (Z.to_nat second + 2)%nat by lia.
      assert (Hl : length (take (Z.to_nat second) (current_key st)) = Z.to_nat second)
        by (rewrite length_take, (so_key _ Hst); lia).
      rewrite <- Hl at 1. rewrite take_app_add. apply Forall_app. split; [done|]. cbn [app take].
      repeat constructor; lia.
  - change (91 =? 0) with false. change (91 =? 42) with false. change (91 =? 58) with false.
    change (91 =? 91) with true. res_simpl. destruct s as [|d s]; [split; [done|by exists []]|].
    destruct (d =? 108); cbn [negb]; [|apply Hskip].
    pose proof (key_char_not_last _ _ _ Hm Hc2 ltac:(lia)) as H14.
    pose proof (read_elements_ok m next m second (entry_values st) s) as He.
    assert (Ht : table_ok n (m :: next)) by (by apply Forall_cons).
    specialize (He Ht Hm ltac:(lia) ltac:(lia) (so_values _ Hst) (input_ok_tail _ _ Hs)).
    destruct (read_elements reallocates m next m second (entry_values st) s) as [[[v fk] r]|e|]; [|done..].
    res_simpl. destruct He as [[Hv Hf] [pre ->]]. split; [|by exists (d :: pre)]. by split; try apply Hst.
Qed.

(** A key that does not fit, or that the table does not have, is skipped. *)
Lemma skipped st s : state_ok st -> within state_ok s (s ← object_read_bencode_skip_c s; Ok (st, s)).
Proof.
  intros Hst. pose proof (good_within _ _ (skip_good s)) as H.
  destruct (object_read_bencode_skip_c s); [|done..]. by split; [|apply H].
Qed.

Lemma key_put_ok st raw : state_ok st -> zlen raw < 16 - next_key (fst (r_stack st)) ->
  exists k, put (current_key st) (next_key (fst (r_stack st))) (raw ++ [0]) = Ok k /\
    state_ok (with_key st k) /\ next_key (fst (r_stack st)) <= zlen (c_str k).
Proof.
  intros Hst Hr. pose proof (state_top_ok st Hst) as Htop. destruct Hst as [Hv Hk Ht Hl Hp].
  set (next := next_key (fst (r_stack st))) in *.
  assert (Hfit : next + zlen (raw ++ [0]) <= zlen (current_key st))
    by (unfold zlen in *; rewrite Hk, length_app; simpl; lia).
  rewrite put_ok by lia. eexists. split; [done|].
  assert (Hl2 : length (take (Z.to_nat next) (current_key st)) = Z.to_nat next) by (rewrite length_take, Hk; lia).
  split; [split; unfold with_key; cbn [entry_values current_key first_key r_stack]|].
  - done.
  - by rewrite put_length by lia.
  - done.
  - done.
  - subst next. rewrite <- Hl2 at 1. by rewrite take_app_length.
  - pose proof (c_str_prefix (take (Z.to_nat next) (current_key st))
      ((raw ++ [0]) ++ drop (Z.to_nat next + length (raw ++ [0])) (current_key st)) Hp). unfold zlen. lia.
Qed.

Lemma read_entry_ok st s : state_ok st -> input_ok s ->
  match read_entry reallocates st s with
  | Ok (st', rest) => state_ok st' /\ exists c pre, s = c :: pre ++ rest
  | Throw e => e = bencode_error
  | UB => False
  end.
Proof.
  intros Hst Hs. unfold read_entry. pose proof (read_string_good s) as Hg.
  destruct (object_read_bencode_c_string s) as [[raw r]|e|]; [|done..]. res_simpl.
  pose proof (input_ok_rest _ _ _ Hg Hs) as Hr. destruct Hg as (c & pre & ->).
  assert (Hw : forall m, within state_ok r m -> match m with
    | Ok (st', rest) => state_ok st' /\ exists c0 pre0, c :: pre ++ r = c0 :: pre0 ++ rest
    | Throw e => e = bencode_error | UB => False end).
  { intros [[st' rest]|e|]; [|done..]. intros [H [pre' ->]]. split; [done|].
    exists c, (pre ++ pre'). by rewrite app_assoc. }
  apply Hw. clear Hw. pose proof (state_top_ok st Hst) as Htop.
  rewrite u64_small by (unfold max_key_size; lia). unfold max_key_size.
  destruct (16 - next_key (fst (r_stack st)) <=? zlen raw) eqn:El; [by apply skipped|]. bool_prop.
  destruct (key_put_ok st raw Hst El) as (k & -> & Hk & Hlen). res_simpl.
  destruct (find_key_match_ok n (first_key st) (c_str k) (so_table _ Hst) (c_str_no_null k))
    as (o & b & -> & Hb). res_simpl.
  destruct o as [[m next]|]; [|by apply skipped]. destruct (b =? 0); [by apply skipped|].
  destruct Hb as (-> & H15 & Hm & Hi & Hn & Hd).
  apply read_found_ok; try done. unfold with_key, zlen. cbn [current_key].
  by rewrite Nat2Z.id, c_str_take; apply c_str_no_null.
Qed.

Lemma read_entries_ok fuel st s : (length s <= fuel)%nat -> state_ok st -> input_ok s ->
  match read_entries reallocates fuel st s with
  | Ok (values, rest) => values_ok values /\ exists pre, s = pre ++ rest
  | Throw e => e = bencode_error
  | UB => False
  end.
Proof.
  revert st s. induction fuel as [|fuel IH]; intros st [|c s] Hf Hst Hs; cbn [read_entries];
    try done; [simpl in Hf; lia|]. cbn [length] in Hf. destruct (c =? 101).
  - destruct (snd (r_stack st)) as [|e l] eqn:El.
    + split; [apply Hst|by exists [c]].
    + specialize (IH (mkRead (e, l) (current_key st) (first_key st) (entry_values st)) s ltac:(lia)).
      assert (Hpop : state_ok (mkRead (e, l) (current_key st) (first_key st) (entry_values st))).
      { destruct Hst as [Hv Hk Ht Hl Hp]. rewrite El in Hl. destruct Hl as [H1 H2].
        pose proof (levels_depth _ _ H2). pose proof (zlen_nonneg l).
        split; cbn [entry_values current_key first_key r_stack fst snd]; try done.
        replace (take (Z.to_nat (next_key e)) (current_key st)) with
          (take (Z.to_nat (next_key e)) (take (Z.to_nat (next_key (fst (r_stack st)))) (current_key st)))
          by (rewrite take_take; f_equal; lia). by apply Forall_take. }
      specialize (IH Hpop (input_ok_tail _ _ Hs)).
      destruct (read_entries reallocates fuel _ s) as [[v r]|e'|]; [|done..].
      destruct IH as [Hv [pre ->]]. split; [done|]. by exists (c :: pre).
  - pose proof (read_entry_ok st (c :: s) Hst Hs) as He.
    destruct (read_entry reallocates st (c :: s)) as [[st' r]|e|]; [|done..]. res_simpl.
    destruct He as [Hst' (c' & pre & E)]. injection E as <- ->.
    assert (Hr : input_ok r) by (by apply (input_ok_suffix (c :: pre ++ r) (c :: pre) r)).
    specialize (IH st' r ltac:(rewrite length_app in Hf; lia) Hst' Hr).
    destruct (read_entries reallocates fuel st' r) as [[v r']|e|]; [|done..].
    destruct IH as [Hv [pre' ->]]. split; [done|]. exists (c :: pre ++ pre'). simpl. by rewrite <- app_assoc.
Qed.

Lemma static_map_read_ok (s : bytes) (values : list Object) (table : list static_map_mapping_type) :
  table_ok n table -> values_ok values -> input_ok s ->
  match static_map_read_bencode_c reallocates s values table with
  | Ok (values', rest) => values_ok values' /\ exists pre, s = pre ++ rest
  | Throw e => e = bencode_error
  | UB => False
  end.
Proof.
  intros Ht Hv Hs. unfold static_map_read_bencode_c. destruct s as [|c s]; [done|].
  destruct (c =? 100); cbn [negb]; [|done].
  assert (H0 : state_ok (mkRead (clear_entry, []) (replicate 18 0) table values)).
  { split; cbn [entry_values current_key first_key r_stack fst snd]; done. }
  pose proof (read_entries_ok (length s) _ s ltac:(lia) H0 (input_ok_tail _ _ Hs)) as H.
  destruct (read_entries reallocates (length s) _ s) as [[v r]|e|]; [|done..].
  destruct H as [Hv' [pre ->]]. split; [done|]. by exists (c :: pre).
Qed.

End Safety.

(** C7: Reading a message with any table of keys, from any bytes whose numbers are
    short, stays inside the path buffer, the stack, the table and the
    entries, ends, and throws nothing but [bencode_error]. *)
Theorem static_map_read_safe (reallocates : nat -> bool) (n : Z) (s : bytes) (values : list Object) (table : list static_map_mapping_type) :
  table_ok n table -> zlen values = n -> input_ok s ->
  match static_map_read_bencode_c reallocates s values table with
  | Ok (values', rest) => zlen values' = n /\ exists pre, s = pre ++ rest
  | Throw e => e = bencode_error
  | UB => False
  end.
Proof.
  intros Ht Hv Hs. assert (Hvs : values_ok n (fun _ => True) values) by (split; [done|by apply Forall_true]).
  pose proof (static_map_read_ok reallocates n (fun _ => True) ltac:(done) ltac:(done) s values table Ht Hvs Hs) as Hr.
  destruct (static_map_read_bencode_c reallocates s values table) as [[v r]|e|]; [|done..].
  destruct Hr as [[Hz _] Hp]. done.
Qed.

(** The raw strings of a message are bytes of it. *)
Definition raw_bytes (o : Object) : Prop := match o with TYPE_RAW_STRING _ s => Forall is_u8 s | _ => True end.

Lemma raw_reader_bytes s old ty o r : Forall is_u8 s -> raw_bytes old -> object_read_bencode_raw_c s old ty = Ok (o, r) ->
  raw_bytes o.
Proof.
  intros Hs Ho H. unfold object_read_bencode_raw_c in H. res_inv. set (obj := take _ s) in *.
  assert (Hobj : Forall is_u8 obj) by by apply Forall_take.
  destruct (ty =? 83).
  - destruct (is_raw_string obj); [|by res_inv]. unfold as_raw_string in *. res_inv.
    destruct (snd (find_split (fun c => c =? 58) obj)) as [|c t] eqn:Ef; [done|]. res_inv. cbn.
    rewrite <- (find_split_app (fun c => c =? 58) obj), Ef in Hobj. apply Forall_app in Hobj as [_ Hobj].
    by apply Forall_cons in Hobj as [_ Hobj].
  - destruct (ty =? 76); [destruct (is_raw_list obj); by res_inv|].
    destruct (ty =? 77); [destruct (is_raw_map obj); by res_inv|]. by res_inv.
Qed.


Lemma set_flags_type o f : type (set_internal_flags o f) = type o.
Proof. by destruct o. Qed.

Lemma inherit_type o v : type (inherit_unordered o v) = type o.
Proof. unfold inherit_unordered. destruct (has_flags v flag_unordered); [apply set_flags_type|done]. Qed.

Lemma read_list_type ra fuel d o s o' r : read_list ra fuel d o s = Ok (o', r) -> type o' = type o.
Proof.
  revert o s. induction fuel as [|fuel IH]; intros o s H; cbn [read_list] in H; [done|].
  destruct s as [|c s]; [done|]. destruct (c =? 101); [by injection H as <- _|].
  destruct (read_c ra fuel d (c :: s)) as [[obj t]|e|]; [|done..]. cbn [mbind res_bind] in H.
  apply IH in H. rewrite H. unfold list_append. rewrite inherit_type. by destruct o.
Qed.

Lemma read_dict_type ra fuel d o prev s o' r : read_dict ra fuel d o prev s = Ok (o', r) -> type o' = type o.
Proof.
  revert o prev s. induction fuel as [|fuel IH]; intros o prev s H; cbn [read_dict] in H; [done|].
  destruct s as [|c s]; [done|]. destruct (c =? 101); [by injection H as <- _|].
  destruct (object_read_bencode_c_string (c :: s)) as [[str t]|e|]; [|done..]. cbn [mbind res_bind] in H.
  destruct (read_c ra fuel d t) as [[v t']|e|]; [|done..]. cbn [mbind res_bind] in H.
  apply IH in H. rewrite H. unfold map_store. rewrite inherit_type. unfold mark_key. destruct o; try done.
  by destruct (_ && _).
Qed.

(** A value that is parsed is not raw. *)
Lemma reader_not_raw ra s d o r : object_read_bencode_c ra s d = Ok (o, r) -> raw_bytes o.
Proof.
  unfold object_read_bencode_c. destruct (read_fuel s) as [|fuel]; [done|]. cbn [read_c].
  destruct s as [|c s]; [done|]. intros H. assert (Ht : type o <> 2); [|by destruct o].
  destruct (c =? 105).
  { destruct (object_read_bencode_c_value s 0) as [[v [|x t]]|e|]; [done| |done..]. cbn [mbind res_bind] in H.
    destruct (x =? 101); [|done]. by injection H as <- _. }
  destruct (c =? 108); [destruct (_ <=? _); [done|]; apply read_list_type in H; by rewrite H|].
  destruct (c =? 100); [destruct (_ <=? _); [done|]; apply read_dict_type in H; by rewrite H|].
  destruct (_ || _); [done|]. destruct (object_read_bencode_c_string (c :: s)) as [[v t]|e|]; [|done..].
  cbn [mbind res_bind] in H. by injection H as <- _.
Qed.

Lemma static_map_read_raw ra n s values table : table_ok n table -> zlen values = n -> Forall raw_bytes values ->
  input_ok s ->
  match static_map_read_bencode_c ra s values table with
  | Ok (values', rest) => zlen values' = n /\ Forall raw_bytes values' /\ exists pre, s = pre ++ rest
  | Throw e => e = bencode_error
  | UB => False
  end.
Proof.
  intros Ht Hv Hf Hs. pose proof (static_map_read_ok ra n raw_bytes) as Hr.
  specialize (Hr ltac:(intros ? ? ? _; apply reader_not_raw) raw_reader_bytes s values table Ht (conj Hv Hf) Hs).
  destruct (static_map_read_bencode_c ra s values table) as [[v r]|e|]; [|done..].
  destruct Hr as [[Hz Hb] Hp]. done.
Qed.

(** ** What is written *)

(** The layout of a message: fixed bytes, and the entries in their places.  It
    depends on which entries are there, not on what they are. *)
Inductive part := Fixed (s : bytes) | Entry (i : Z).

Definition part_text (values : list Object) (p : part) : bytes :=
  match p with
  | Fixed s => s
  | Entry i => match zlookup values i with Some o => bencode 0 o | None => [] end
  end.
Definition text (values : list Object) (l : list part) : bytes := concat (part_text values <$> l).

Fixpoint close_layout (base_size : Z) (top : static_map_stack_type) (under : list static_map_stack_type)
    : res (stack * list part) :=
  if next_key top <=? base_size then Ok ((top, under), [])
  else match under with
       | [] => UB
       | e :: under => '(stk, t) ← close_layout base_size e under; Ok (stk, Fixed [101] :: t)
       end.

Fixpoint path_layout (fuel : nat) (m : static_map_mapping_type) (key_begin : Z) (stk : stack)
    : res (stack * list part) :=
  match fuel with
  | O => UB
  | S fuel =>
      let key_end := find_key_end m key_begin in
      let k := if is_map_type (fst stk) then
                 encode_string (take (Z.to_nat (key_end - key_begin)) (drop (Z.to_nat key_begin) (key m)))
               else [] in
      c ← key_char m key_end;
      nested ← (if c =? 58 then d ← key_char m (key_end + 1); Ok (d =? 58) else Ok false);
      if nested : bool then
        stk ← stack_push stk (set_key_index key_begin key_end 2 true);
        '(stk, t) ← path_layout fuel m (key_end + 2) stk;
        Ok (stk, Fixed k :: Fixed [100] :: t)
      else
        listed ← (if c =? 91 then d ← key_char m (key_end + 1); Ok (d =? 93) else Ok false);
        if listed : bool then
          stk ← stack_push stk (set_key_index key_begin key_end 2 false);
          '(stk, t) ← path_layout fuel m (key_end + 2) stk;
          Ok (stk, Fixed k :: Fixed [108] :: t)
        else if negb (c =? 0) && negb (c =? 42) then Throw internal_error
        else Ok (stk, [Fixed k; Entry (index m)])
  end.

(** [absent] tells which entries are empty. *)
Fixpoint keys_layout (table : list static_map_mapping_type) (absent : list bool)
    (prev : option static_map_mapping_type) (stk : stack) : res (stack * list part) :=
  match table with
  | [] => Ok (stk, [])
  | m :: table =>
      b ← of_deref (zlookup absent (index m));
      if b : bool then keys_layout table absent prev stk
      else
        let n := Z.to_nat (next_key (fst stk)) in
        base_size ←
          (match prev with
           | Some p => Ok (count_base (take n (key m)) (take n (key p)))
           | None => _ ← ub_when (0 <? next_key (fst stk)); Ok 0
           end);
        '(stk, t1) ← close_layout base_size (fst stk) (snd stk);
        '(stk, t2) ← path_layout 16 m (next_key (fst stk)) stk;
        '(stk, t3) ← keys_layout table absent (Some m) stk;
        Ok (stk, t1 ++ t2 ++ t3)
  end.

Definition static_map_layout (table : list static_map_mapping_type) (absent : list bool) : res (list part) :=
  '(stk, t) ← keys_layout table absent None (clear_entry, []);
  Ok (Fixed [100] :: t ++ replicate (S (length (snd stk))) (Fixed [101])).

Lemma text_app values l k : text values (l ++ k) = text values l ++ text values k.
Proof. unfold text. by rewrite fmap_app, concat_app. Qed.

Section Written.
Context {D} {writeFunc : D -> object_buffer_t -> bytes -> res (D * object_buffer_t)}.
Context {holds : object_write_data_t D -> bytes -> Prop} {fits : bytes -> Prop}.
Context {HS : Sink writeFunc holds fits}.

(** [f] returns [a] and takes the bytes [s]. *)
Definition takes_with {A} (f : object_write_data_t D -> res (A * object_write_data_t D)) (a : A) (s : bytes) : Prop :=
  forall w W, holds w W -> fits (W ++ s) -> exists w', f w = Ok (a, w') /\ holds w' (W ++ s).

Lemma takes_then {A} f (g : object_write_data_t D -> res (A * object_write_data_t D)) a s t w W :
  takes (holds := holds) (fits := fits) f s -> takes_with g a t -> holds w W -> fits (W ++ (s ++ t)) ->
  exists w', (w1 ← f w; g w1) = Ok (a, w') /\ holds w' (W ++ (s ++ t)).
Proof.
  intros Hf Hg Hw Hfit. rewrite app_assoc in *.
  destruct (Hf w W Hw) as (w1 & -> & H1); [by apply (sink_prefix (Sink := HS)) in Hfit|]. by apply Hg.
Qed.

Lemma takes_with_then {A B} f (g : A -> object_write_data_t D -> res (B * object_write_data_t D)) a b s t w W :
  takes_with f a s -> takes_with (g a) b t -> holds w W -> fits (W ++ (s ++ t)) ->
  exists w', ('(x, w1) ← f w; g x w1) = Ok (b, w') /\ holds w' (W ++ (s ++ t)).
Proof.
  intros Hf Hg Hw Hfit. rewrite app_assoc in *.
  destruct (Hf w W Hw) as (w1 & -> & H1); [by apply (sink_prefix (Sink := HS)) in Hfit|]. by apply Hg.
Qed.

Lemma close_to_takes values base_size top under stk t : close_layout base_size top under = Ok (stk, t) ->
  takes_with (close_to writeFunc base_size top under) stk (text values t).
Proof.
  revert top stk t. induction under as [|e under IH]; intros top stk t Ht w W; cbn [close_layout close_to] in *;
    (destruct (next_key top <=? base_size);
     [injection Ht as <- <-; intros Hw _; exists w; by rewrite app_nil_r|]); [done|].
  destruct (close_layout base_size e under) as [[stk' t']| |] eqn:E; [|done..]. injection Ht as <- <-.
  refine (takes_then _ _ _ _ _ w W (takes_char (HS := HS) 101) _). by apply IH.
Qed.

Lemma path_takes values fuel m o key_begin stk stk' t : zlen (key m) < 2 ^ 32 -> writable 0 o = true ->
  zlookup values (index m) = Some o ->
  path_layout fuel m key_begin stk = Ok (stk', t) ->
  takes_with (write_path writeFunc fuel m o key_begin stk) stk' (text values t).
Proof.
  intros Hk Ho Hv. revert key_begin stk stk' t.
  induction fuel as [|fuel IH]; intros key_begin stk stk' t Ht w W; cbn [path_layout write_path] in *; [done|].
  set (k := take _ _) in *. assert (Hkl : zlen k < 2 ^ 32) by (unfold k, zlen in *; rewrite length_take, length_drop; lia).
  assert (Htk : takes (holds := holds) (fits := fits)
    (fun w => if is_map_type (fst stk) then object_write_bencode_c_obj_string writeFunc w k else Ok w)
    (if is_map_type (fst stk) then encode_string k else [])).
  { destruct (is_map_type (fst stk)); [by apply (takes_obj_string (HS := HS))|apply takes_nil]. }
  destruct (key_char m (find_key_end m key_begin)) as [c| |]; [|done..]. cbn [mbind res_bind] in *.
  destruct (if c =? 58 then _ else _) as [[]| |] eqn:En; [| |done..]; cbn [mbind res_bind] in *.
  - destruct (stack_push _ _) as [stk1| |]; [|done..]. cbn [mbind res_bind] in *.
    destruct (path_layout fuel m _ stk1) as [[stk2 t2]| |] eqn:Ep; [|done..]. injection Ht as <- <-.
    refine (takes_then _ _ _ _ _ w W Htk _). intros w1 W1.
    refine (takes_then _ _ _ _ _ w1 W1 (takes_char (HS := HS) 100) _). by apply IH.
  - destruct (if c =? 91 then _ else _) as [[]| |] eqn:El; [| |done..]; cbn [mbind res_bind] in *.
    + destruct (stack_push _ _) as [stk1| |]; [|done..]. cbn [mbind res_bind] in *.
      destruct (path_layout fuel m _ stk1) as [[stk2 t2]| |] eqn:Ep; [|done..]. injection Ht as <- <-.
      refine (takes_then _ _ _ _ _ w W Htk _). intros w1 W1.
      refine (takes_then _ _ _ _ _ w1 W1 (takes_char (HS := HS) 108) _). by apply IH.
    + destruct (negb (c =? 0) && negb (c =? 42)); [done|]. injection Ht as <- <-.
      unfold text. cbn [fmap list_fmap concat part_text]. rewrite Hv, app_nil_r.
      refine (takes_then _ _ _ _ _ w W Htk _). intros w1 W1 Hw Hf.
      destruct (takes_object (HS := HS) 0 o Ho w1 W1 Hw Hf) as (w2 & -> & H2). by exists w2.
Qed.

(** What can be written: the keys of the table and the objects. *)
Definition writes_ok (table : list static_map_mapping_type) (values : list Object) : Prop :=
  Forall (fun m => zlen (key m) < 2 ^ 32) table /\ Forall (fun o => writable 0 o = true) values.

Lemma keys_take table values prev stk stk' t : writes_ok table values ->
  keys_layout table (is_empty <$> values) prev stk = Ok (stk', t) ->
  takes_with (write_keys writeFunc table values prev stk) stk' (text values t).
Proof.
  intros [Hk Ho]. revert prev stk stk' t.
  induction Hk as [|m table Hm _ IH]; intros prev stk stk' t Ht w W; cbn [keys_layout write_keys] in *.
  { injection Ht as <- <-. intros Hw _. exists w. by rewrite app_nil_r. }
  revert Ht. generalize 16%nat as parts. intros parts Ht.
  unfold zlookup at 1 in Ht. unfold zlookup at 1. destruct (0 <=? index m) eqn:Ei; [|done]. rewrite list_lookup_fmap in Ht.
  destruct (values !! Z.to_nat (index m)) as [o|] eqn:El; [|done]. cbn [fmap option_fmap option_map of_deref mbind res_bind] in *.
  destruct (is_empty o); [by apply IH|].
  assert (Hwo : writable 0 o = true) by (rewrite Forall_forall in Ho; by eapply Ho, list_elem_of_lookup_2).
  assert (Hv : zlookup values (index m) = Some o) by (unfold zlookup; by rewrite Ei).
  destruct (match prev with Some _ => _ | None => _ end) as [bs| |]; [|done..]. cbn [mbind res_bind] in *.
  destruct (close_layout bs (fst stk) (snd stk)) as [[stk1 t1]| |] eqn:E1; [|done..]. cbn [mbind res_bind] in *.
  destruct (path_layout parts m (next_key (fst stk1)) stk1) as [[stk2 t2]| |] eqn:E2; [|done..]. cbn [mbind res_bind] in *.
  destruct (keys_layout table _ (Some m) stk2) as [[stk3 t3]| |] eqn:E3; [|done..]. injection Ht as <- <-.
  rewrite !text_app.
  refine (takes_with_then _ (fun stk w => '(stk, w) ← write_path writeFunc parts m o (next_key (fst stk)) stk w;
    write_keys writeFunc table values (Some m) stk w) _ _ _ _ w W (close_to_takes values _ _ _ _ _ E1) _). intros w1 W1.
  refine (takes_with_then _ (fun stk w => write_keys writeFunc table values (Some m) stk w) _ _ _ _ w1 W1
    (path_takes values _ _ _ _ _ _ _ Hm Hwo Hv E2) _). by apply IH.
Qed.

Lemma close_all_takes values under : takes (holds := holds) (fits := fits) (close_all writeFunc under)
  (text values (replicate (S (length under)) (Fixed [101]))).
Proof.
  induction under as [|e under IH]; intros w W; cbn [close_all length].
  - intros Hw Hf. destruct (takes_char (HS := HS) 101 w W Hw Hf) as (w1 & -> & H1). by exists w1.
  - exact (takes_bind (HS := HS) _ _ _ _ (takes_char (HS := HS) 101) IH w W).
Qed.

Lemma static_map_takes table values l : writes_ok table values -> static_map_layout table (is_empty <$> values) = Ok l ->
  takes (holds := holds) (fits := fits) (fun w => static_map_write_bencode_c_values writeFunc w values table) (text values l).
Proof.
  intros Hok Ht. unfold static_map_layout in Ht.
  destruct (keys_layout table _ None (clear_entry, [])) as [[stk t']| |] eqn:E; [|done..].
  cbn [mbind res_bind] in Ht. set (tail := replicate (S (length (snd stk))) (Fixed [101])) in Ht.
  assert (Hl : l = Fixed [100] :: t' ++ tail) by congruence. rewrite Hl. clear Ht Hl.
  unfold static_map_write_bencode_c_values.
  change (text values (Fixed [100] :: t' ++ tail)) with ([100] ++ text values (t' ++ tail)). rewrite text_app.
  refine (takes_bind (HS := HS) _ (fun w => '(stk, w) ← write_keys writeFunc table values None (clear_entry, []) w;
    close_all writeFunc (snd stk) w) _ _ (takes_char (HS := HS) 100) _). intros w W Hw Hf. rewrite app_assoc in *.
  destruct (keys_take table values None _ _ _ Hok E w W Hw) as (w1 & -> & H1); [by apply (sink_prefix (Sink := HS)) in Hf|].
  cbn [mbind res_bind]. by apply close_all_takes.
Qed.

End Written.

(** A message that fits a buffer is written there as its layout says. *)
Theorem static_map_written (n : Z) (table : list static_map_mapping_type) (values : list Object) (l : list part) :
  n < 2 ^ 32 -> writes_ok table values -> static_map_layout table (is_empty <$> values) = Ok l ->
  zlen (text values l) <= n ->
  exists b, static_map_write_bencode_c_wrap object_write_to_buffer [] (0, n) values table = Ok (text values l, b).
Proof.
  intros Hn Hok Ht Hfit. unfold static_map_write_bencode_c_wrap.
  pose proof (memory_sink 0 n ltac:(lia)) as HS. pose proof (zlen_nonneg (text values l)) as H0.
  destruct (static_map_takes (HS := HS) table values l Hok Ht (mkWriteData [] (0, n) []) []) as (w & -> & Hh).
  { left. cbn. change (zlen []) with 0. split_and!; try done; lia. }
  { rewrite app_nil_l. lia. }
  cbn [mbind res_bind]. rewrite app_nil_l in Hh. unfold pos. set (t := text values l) in *.
  assert (Hpos : 0 < zlen t).
  { unfold static_map_layout in Ht. destruct (keys_layout _ _ _ _) as [[stk t']| |]; [|done..]. injection Ht as <-.
    subst t. unfold text, zlen. simpl. lia. }
  destruct Hh as [(Eb & Ed & Eo & Hl)|(Eb & Ed & Eo & Hl & Hne)]; rewrite Eb, Ed, Eo; cbn [fst].
  - rewrite (proj2 (Z.eqb_neq (0 + zlen t) 0)) by lia. unfold object_write_to_buffer. cbn [fst snd].
    rewrite (proj2 (Z.eqb_neq 0 (0 + zlen t))) by lia. by eexists.
  - change (zlen []) with 0. rewrite Z.add_0_r, Z.eqb_refl. by eexists.
Qed.

(** ** Messages of the program *)

(** Empty entries for a table. *)
Definition no_values (table : list static_map_mapping_type) : list Object :=
  replicate (length table) (TYPE_NONE 0).

(** A message written into a buffer of 1024 bytes. *)
Definition written (table : list static_map_mapping_type) (values : list Object) : res bytes :=
  '(s, _) ← static_map_write_bencode_c_wrap object_write_to_buffer [] (0, 1024) values table; Ok s.

(** An announce query: all its strings raw, its port a number. *)
Definition sample_query : list Object :=
  [ TYPE_RAW_STRING 0 (replicate 20 1); TYPE_RAW_STRING 0 (replicate 20 2); TYPE_VALUE 0 6881;
    TYPE_NONE 0; TYPE_RAW_STRING 0 [9; 8; 7; 6; 5; 4; 3; 2]; TYPE_NONE 0; TYPE_NONE 0;
    TYPE_RAW_STRING 0 (ascii_bytes "announce_peer"); TYPE_NONE 0; TYPE_NONE 0; TYPE_NONE 0; TYPE_NONE 0;
    TYPE_RAW_STRING 0 [42; 1; 0]; TYPE_NONE 0; TYPE_RAW_STRING 0 [113] ].

(** Both tables have distinct, terminated keys, and the message comes back. *)
Example dht_keys_ok : table_ok 15 dht_keys.
Proof. unfold dht_keys. repeat constructor; vm_compute; congruence. Qed.

Example query_written : written dht_keys sample_query =
  Ok (ascii_bytes "d1:ad2:id20:" ++ replicate 20 1 ++ ascii_bytes "9:info_hash20:" ++ replicate 20 2 ++
      ascii_bytes "4:porti6881e5:token8:" ++ [9; 8; 7; 6; 5; 4; 3; 2] ++
      ascii_bytes "e1:q13:announce_peer1:t3:" ++ [42; 1; 0] ++ ascii_bytes "1:y1:qe").
Proof. vm_compute. reflexivity. Qed.

Example query_comes_back :
  (s ← written dht_keys sample_query;
   static_map_read_bencode_c (fun _ => false) s (no_values dht_keys) dht_keys) = Ok (sample_query, []).
Proof. vm_compute. reflexivity. Qed.

(** The elements of an error list end up in the entries of its two keys. *)
Example error_list_read :
  static_map_read_bencode_c (fun _ => false)
    (ascii_bytes "d1:eli203e5:wrong3:ende1:t1:a1:y1:ee") (no_values dht_keys) dht_keys =
  Ok (<[5%nat := TYPE_RAW_BENCODE 0 (ascii_bytes "i203e")]> (<[6%nat := TYPE_RAW_BENCODE 0 (ascii_bytes "5:wrong")]>
      (<[12%nat := TYPE_RAW_STRING 0 [97]]> (<[14%nat := TYPE_RAW_STRING 0 [101]]> (no_values dht_keys)))), []).
Proof. vm_compute. reflexivity. Qed.

(** A key with the separator in it is taken for the path, so that an entry of
    the message itself passes for one of the dictionary ["a"]. *)
Example flat_key_taken_for_path :
  static_map_read_bencode_c (fun _ => false) (ascii_bytes "d7:a::porti80ee") (no_values dht_keys) dht_keys =
  static_map_read_bencode_c (fun _ => false) (ascii_bytes "d1:ad4:porti80eee") (no_values dht_keys) dht_keys.
Proof. vm_compute. reflexivity. Qed.

(** A key with a null character is cut there. *)
Example null_in_key_ignored :
  static_map_read_bencode_c (fun _ => false) (ascii_bytes "d3:p" ++ [0; 1] ++ ascii_bytes "i80ee")
    (no_values ext_handshake_keys) ext_handshake_keys =
  static_map_read_bencode_c (fun _ => false) (ascii_bytes "d1:pi80ee")
    (no_values ext_handshake_keys) ext_handshake_keys.
Proof. vm_compute. reflexivity. Qed.

(** Entries must come in the order of the table: one that comes too late is
    skipped. *)
Example late_entry_skipped :
  static_map_read_bencode_c (fun _ => false) (ascii_bytes "d1:vi1e1:pi80ee")
    (no_values ext_handshake_keys) ext_handshake_keys =
  static_map_read_bencode_c (fun _ => false) (ascii_bytes "d1:vi1ee")
    (no_values ext_handshake_keys) ext_handshake_keys.
Proof. vm_compute. reflexivity. Qed.

Lemma static_map_read_safe_witness :
  match static_map_read_bencode_c (fun _ => false) [100; 49; 58; 97; 100; 49] (no_values dht_keys) dht_keys with
  | Ok (values', rest) => zlen values' = 15 /\ exists pre, [100; 49; 58; 97; 100; 49] = pre ++ rest
  | Throw e => e = bencode_error
  | UB => False
  end.
Proof.
  apply (static_map_read_safe (fun _ => false) 15).
  - apply dht_keys_ok.
  - reflexivity.
  - split; [repeat (apply Forall_cons_2; [split; [lia|reflexivity]|]); apply Forall_nil_2|].
    intros a r E. do 6 (destruct a as [|? a]; [simpl in E; subst r; simpl; lia|injection E as <- E]).
    destruct a as [|? a]; [simpl in E; subst r; simpl; lia|discriminate E].
Defined.

End StaticMap.
