(* ===== verification/ProtocolBase.v ===== *)
(** * The peer wire protocol (src/net/protocol_buffer.h, src/protocol/protocol_base.h)

    The fixed-size buffer with its read and write positions, the writers and
    readers of the messages, their size guards, and the message parser at the
    top of [PeerConnection::read_header]
    (src/protocol/peer_connection_leech.cc). *)

From S2P Require Import Prelude.

(** ** Pieces (src/torrent/data/piece.h) *)

Module Piece.

Definition invalid_index : Z := 2 ^ 32 - 1.

Record Piece := mkPiece { m_index : Z; m_offset : Z; m_length : Z }.

Definition empty_piece : Piece := mkPiece invalid_index 0 0.
Definition is_valid (p : Piece) : bool := negb (m_index p =? invalid_index).

#[global] Instance piece_eq_dec : EqDecision Piece.
Proof. solve_decision. Defined.

Definition piece_eqb (p q : Piece) : bool :=
  (m_index p =? m_index q) && (m_offset p =? m_offset q) && (m_length p =? m_length q).

Lemma piece_eqb_eq p q : piece_eqb p q = true <-> p = q.
Proof.
  unfold piece_eqb. rewrite !andb_true_iff, !Z.eqb_eq. destruct p, q. simpl. split.
  - intros [[-> ->] ->]. done.
  - by intros [= -> -> ->].
Qed.

Definition fields_u32 (p : Piece) : Prop :=
  is_u32 (m_index p) /\ is_u32 (m_offset p) /\ is_u32 (m_length p).

End Piece.

Module ProtocolBuffer.

(** The memory of [tmpl_size] bytes and the two iterators as offsets. *)
Record ProtocolBuffer := mkProtocolBuffer {
  m_buffer : list Z;
  m_position : Z;
  m_end : Z
}.

Definition reset (b : ProtocolBuffer) : ProtocolBuffer := mkProtocolBuffer (m_buffer b) 0 0.
Definition reset_position (b : ProtocolBuffer) : ProtocolBuffer :=
  mkProtocolBuffer (m_buffer b) 0 (m_end b).
Definition set_position_itr (b : ProtocolBuffer) (itr : Z) : ProtocolBuffer :=
  mkProtocolBuffer (m_buffer b) itr (m_end b).
Definition set_end (b : ProtocolBuffer) (v : Z) : ProtocolBuffer :=
  mkProtocolBuffer (m_buffer b) (m_position b) v.
Definition move_end (b : ProtocolBuffer) (v : Z) : ProtocolBuffer :=
  mkProtocolBuffer (m_buffer b) (m_position b) (m_end b + v).

Definition size_position (b : ProtocolBuffer) : Z := u16 (m_position b).
Definition size_end (b : ProtocolBuffer) : Z := u16 (m_end b).
Definition remaining (b : ProtocolBuffer) : Z := u16 (m_end b - m_position b).
Definition reserved (b : ProtocolBuffer) : Z := zlen (m_buffer b).
Definition reserved_left (b : ProtocolBuffer) : Z := u16 (reserved b - size_end b).

Definition consume (b : ProtocolBuffer) (v : Z) : bool * ProtocolBuffer :=
  let b := mkProtocolBuffer (m_buffer b) (m_position b + v) (m_end b) in
  (remaining b =? 0, b).

(** Memory accesses; outside the array they are undefined. *)
Definition mem_read (b : ProtocolBuffer) (pos : Z) (k : nat) : res (list Z) :=
  _ ← ub_when (negb ((0 <=? pos) && (pos + Z.of_nat k <=? zlen (m_buffer b))));
  Ok (take k (drop (Z.to_nat pos) (m_buffer b))).

Definition mem_write (b : ProtocolBuffer) (pos : Z) (l : list Z) : res ProtocolBuffer :=
  _ ← ub_when (negb ((0 <=? pos) && (pos + zlen l <=? zlen (m_buffer b))));
  Ok (mkProtocolBuffer
        (take (Z.to_nat pos) (m_buffer b) ++ l ++ drop (Z.to_nat pos + length l) (m_buffer b))
        (m_position b) (m_end b)).

(** [ntohs], [ntohl] and [custom_ntohll] of the bytes as they are in memory. *)
Definition be_combine (l : list Z) : Z := foldl (fun a c => a * 256 + c) 0 l.

Definition peek_int (k : nat) (b : ProtocolBuffer) : res Z :=
  l ← mem_read b (m_position b) k; Ok (be_combine l).
Definition read_int (k : nat) (b : ProtocolBuffer) : res (Z * ProtocolBuffer) :=
  v ← peek_int k b; Ok (v, set_position_itr b (m_position b + Z.of_nat k)).

Definition peek_8 := peek_int 1.
Definition peek_16 := peek_int 2.
Definition peek_32 := peek_int 4.
Definition peek_64 := peek_int 8.
Definition read_8 := read_int 1.
Definition read_16 := read_int 2.
Definition read_32 := read_int 4.
Definition read_64 := read_int 8.

(** [for (itr = m_end + sizeof(T); itr != m_end; v >>= 8) *(--itr) = v;] *)
Fixpoint int_loop (k : nat) (v : Z) (acc : list Z) : list Z :=
  match k with
  | O => acc
  | S k => int_loop k (Z.shiftr v 8) (u8 v :: acc)
  end.

Definition write_int (k : nat) (b : ProtocolBuffer) (v : Z) : res ProtocolBuffer :=
  b ← mem_write b (m_end b) (int_loop k v []); Ok (move_end b (Z.of_nat k)).

Definition write_8 := write_int 1.
Definition write_16 := write_int 2.
Definition write_32 := write_int 4.
Definition write_64 := write_int 8.

(** [read_range] and [read_len]; [write_range] and [write_len]. *)
Definition read_len (b : ProtocolBuffer) (len : nat) : res (list Z * ProtocolBuffer) :=
  l ← mem_read b (m_position b) len;
  Ok (l, set_position_itr b (m_position b + Z.of_nat len)).
Definition write_range (b : ProtocolBuffer) (l : list Z) : res ProtocolBuffer :=
  b ← mem_write b (m_end b) l; Ok (move_end b (zlen l)).

Definition move_unused (b : ProtocolBuffer) : res ProtocolBuffer :=
  l ← mem_read b (m_position b) (Z.to_nat (remaining b));
  b' ← mem_write b 0 l;
  Ok (reset_position (set_end b' (remaining b))).

(** ** Contents *)

Record wf (n : Z) (b : ProtocolBuffer) : Prop := {
  wf_size : zlen (m_buffer b) = n;
  wf_n : n < 2 ^ 16;
  wf_pos : 0 <= m_position b <= m_end b;
  wf_end : m_end b <= n
}.

(** The bytes written and not yet read. *)
Definition content (b : ProtocolBuffer) : list Z :=
  drop (Z.to_nat (m_position b)) (take (Z.to_nat (m_end b)) (m_buffer b)).

Lemma remaining_wf n b : wf n b -> remaining b = m_end b - m_position b /\ zlen (content b) = remaining b.
Proof.
  intros [Hs Hn Hp He]. unfold remaining. rewrite u16_small by lia. split; [done|].
  unfold content, zlen in *. rewrite length_drop, length_take. lia.
Qed.

Lemma reserved_left_wf n b : wf n b -> reserved_left b = n - m_end b.
Proof.
  intros [Hs Hn Hp He]. unfold reserved_left, reserved, size_end. rewrite Hs.
  rewrite (u16_small (m_end b)) by lia. apply u16_small. lia.
Qed.

Lemma write_range_spec n b l : wf n b -> zlen l <= reserved_left b ->
  exists b', write_range b l = Ok b' /\ wf n b' /\ content b' = content b ++ l /\
    m_position b' = m_position b /\ m_end b' = m_end b + zlen l.
Proof.
  intros Hw Hl. rewrite (reserved_left_wf n b Hw) in Hl. destruct Hw as [Hs Hn Hp He].
  unfold write_range, mem_write. rewrite (proj2 (Z.leb_le 0 (m_end b))) by lia.
  rewrite (proj2 (Z.leb_le (m_end b + zlen l) (zlen (m_buffer b)))) by lia. cbn [andb negb]. res_simpl.
  pose proof (zlen_nonneg l). eexists. split; [reflexivity|].
  unfold move_end. cbn [m_buffer m_position m_end].
  assert (Hlen : zlen (take (Z.to_nat (m_end b)) (m_buffer b) ++ l ++
     drop (Z.to_nat (m_end b) + length l) (m_buffer b)) = n).
  { unfold zlen in *. rewrite !length_app, length_take, length_drop. lia. }
  split; [split; simpl; lia|]. split; [|done]. unfold content. cbn [m_buffer m_position m_end].
  set (m := take (Z.to_nat (m_end b)) (m_buffer b)).
  assert (Hm : length m = Z.to_nat (m_end b)) by (unfold m, zlen in *; rewrite length_take; lia).
  replace (Z.to_nat (m_end b + zlen l)) with (length m + length l)%nat by (unfold zlen in *; lia).
  rewrite app_assoc, take_app_le by (rewrite length_app; lia).
  rewrite take_ge by (rewrite length_app; lia). rewrite drop_app_le by lia. done.
Qed.

Lemma read_len_spec n b l rest : wf n b -> content b = l ++ rest ->
  exists b', read_len b (length l) = Ok (l, b') /\ wf n b' /\ content b' = rest /\
    m_buffer b' = m_buffer b /\ m_end b' = m_end b /\ m_position b' = m_position b + zlen l.
Proof.
  intros Hw Hc. destruct (remaining_wf n b Hw) as [Hr Hz]. rewrite Hc in Hz.
  destruct Hw as [Hs Hn Hp He]. rewrite Hr in Hz. unfold zlen in Hz. rewrite length_app in Hz.
  unfold read_len, mem_read. rewrite (proj2 (Z.leb_le 0 (m_position b))) by lia.
  rewrite (proj2 (Z.leb_le (m_position b + Z.of_nat (length l)) (zlen (m_buffer b)))) by lia.
  cbn [andb negb]. res_simpl.
  assert (Ht : take (length l) (drop (Z.to_nat (m_position b)) (m_buffer b)) = l).
  { transitivity (take (length l) (content b)); [|by rewrite Hc, take_app_length].
    unfold content. rewrite List.skipn_firstn_comm, take_take. f_equal. lia. }
  rewrite Ht. eexists. split; [reflexivity|]. unfold set_position_itr. simpl.
  split; [split; simpl; unfold zlen in *; lia|]. split; [|done].
  unfold content in *. simpl. replace (Z.to_nat (m_position b + Z.of_nat (length l)))
    with (Z.to_nat (m_position b) + length l)%nat by lia.
  by rewrite <- drop_drop, Hc, drop_app_length.
Qed.

(** [move_unused] keeps the unread bytes and moves them to the front. *)
Lemma move_unused_spec n b : wf n b ->
  exists b', move_unused b = Ok b' /\ wf n b' /\ content b' = content b /\
    m_position b' = 0 /\ m_end b' = zlen (content b).
Proof.
  intros Hw. destruct (remaining_wf n b Hw) as [Hr Hz].
  destruct (read_len_spec n b (content b) [] Hw) as (b1 & H1 & _); [by rewrite app_nil_r|].
  unfold read_len in H1. unfold move_unused.
  replace (Z.to_nat (remaining b)) with (length (content b)) by (unfold zlen in *; lia).
  destruct (mem_read b (m_position b) (length (content b))) as [l|e|] eqn:E; [|done..].
  res_simpl. injection H1 as -> _. destruct Hw as [Hs Hn Hp He].
  unfold mem_write. change (0 <=? 0) with true.
  rewrite (proj2 (Z.leb_le (0 + zlen (content b)) (zlen (m_buffer b)))) by lia.
  cbn [andb negb]. res_simpl. eexists. split; [reflexivity|].
  unfold reset_position, set_end. cbn [m_buffer m_position m_end].
  change (Z.to_nat 0) with 0%nat. cbn [take Nat.add app].
  assert (Hlen : zlen (content b ++ drop (length (content b)) (m_buffer b)) = n).
  { rewrite <- Hs. unfold zlen in *. rewrite length_app, length_drop. lia. }
  split; [split; simpl; lia|]. split; [|by rewrite Hz].
  unfold content at 1. cbn [m_buffer m_position m_end]. change (Z.to_nat 0) with 0%nat. rewrite drop_0.
  replace (Z.to_nat (remaining b)) with (length (content b)) by (unfold zlen in *; lia).
  change (take 0 (m_buffer b)) with (@nil Z). cbn [app]. by rewrite take_app_length.
Qed.

(** ** Integers *)

Lemma int_loop_length k v acc : length (int_loop k v acc) = (k + length acc)%nat.
Proof. revert v acc. induction k as [|k IH]; intros v acc; simpl; [done|]. rewrite IH. simpl. lia. Qed.

Lemma int_loop_combine k v acc : be_combine (int_loop k v acc) =
  foldl (fun a c => a * 256 + c) (v mod 256 ^ Z.of_nat k) acc.
Proof.
  revert v acc. induction k as [|k IH]; intros v acc.
  - simpl. by rewrite Z.mod_1_r.
  - cbn [int_loop]. rewrite IH. cbn [foldl]. f_equal. unfold u8.
    rewrite Z.shiftr_div_pow2 by lia. change (2 ^ 8) with 256.
    rewrite Nat2Z.inj_succ, Z.pow_succ_r by lia.
    assert (0 < 256 ^ Z.of_nat k) by (apply Z.pow_pos_nonneg; lia).
    rewrite Z.rem_mul_r by lia. lia.
Qed.

(** The [k] bytes of [v] in network order. *)
Definition be (k : nat) (v : Z) : list Z := int_loop k v [].
#[global] Arguments be : simpl never.

Lemma be_combine_be k v : 0 <= v < 256 ^ Z.of_nat k -> be_combine (be k v) = v.
Proof. intros Hv. unfold be. rewrite int_loop_combine. simpl. by apply Z.mod_small. Qed.

Lemma be_length k v : length (be k v) = k.
Proof. unfold be. rewrite int_loop_length. simpl. lia. Qed.

Lemma write_int_spec n k b v : wf n b -> Z.of_nat k <= reserved_left b ->
  exists b', write_int k b v = Ok b' /\ wf n b' /\ content b' = content b ++ be k v /\
    m_position b' = m_position b /\ m_end b' = m_end b + Z.of_nat k.
Proof.
  intros Hw Hl. assert (Hz : zlen (be k v) = Z.of_nat k) by (unfold zlen; by rewrite be_length).
  destruct (write_range_spec n b (be k v) Hw ltac:(lia)) as (b' & H1 & H2 & H3 & H4 & H5).
  exists b'. unfold write_range, write_int, be in *. rewrite Hz in *. done.
Qed.

Lemma read_int_spec n k b v rest : wf n b -> 0 <= v < 256 ^ Z.of_nat k ->
  content b = be k v ++ rest ->
  exists b', read_int k b = Ok (v, b') /\ wf n b' /\ content b' = rest /\
    m_end b' = m_end b /\ m_position b' = m_position b + Z.of_nat k.
Proof.
  intros Hw Hv Hc. destruct (read_len_spec n b (be k v) rest Hw Hc) as (b' & H1 & H2 & H3 & H4 & H5 & H6).
  exists b'. rewrite be_length in H1. unfold read_len in H1. unfold read_int, peek_int.
  destruct (mem_read b (m_position b) k) as [l|e|]; [|done..]. res_simpl.
  injection H1 as -> <-. rewrite be_combine_be by done. unfold zlen in H6. rewrite be_length in H6. done.
Qed.

End ProtocolBuffer.

Module ProtocolBase.
Import Piece ProtocolBuffer.

Inductive Protocol :=
  | CHOKE | UNCHOKE | INTERESTED | NOT_INTERESTED | HAVE | BITFIELD | REQUEST | PIECE
  | CANCEL | PORT | EXTENSION_PROTOCOL | NONE | KEEP_ALIVE | OTHER (c : Z).

Definition protocol_code (p : Protocol) : Z :=
  match p with
  | CHOKE => 0 | UNCHOKE => 1 | INTERESTED => 2 | NOT_INTERESTED => 3 | HAVE => 4
  | BITFIELD => 5 | REQUEST => 6 | PIECE => 7 | CANCEL => 8 | PORT => 9
  | EXTENSION_PROTOCOL => 20 | NONE => 21 | KEEP_ALIVE => 22 | OTHER c => c
  end.

(** The last command is kept as its code. *)
Record ProtocolBase := mkProtocolBase {
  m_lastCommand : Z;
  buffer : ProtocolBuffer
}.

Definition set_last_command (pb : ProtocolBase) (c : Z) : ProtocolBase :=
  mkProtocolBase c (buffer pb).
Definition with_buffer (pb : ProtocolBase) (b : ProtocolBuffer) : ProtocolBase :=
  mkProtocolBase (m_lastCommand pb) b.

Definition read_32 (pb : ProtocolBase) : res (Z * ProtocolBase) :=
  '(v, b) ← ProtocolBuffer.read_32 (buffer pb); Ok (v, with_buffer pb b).
Definition read_16 (pb : ProtocolBase) : res (Z * ProtocolBase) :=
  '(v, b) ← ProtocolBuffer.read_16 (buffer pb); Ok (v, with_buffer pb b).
Definition read_8 (pb : ProtocolBase) : res (Z * ProtocolBase) :=
  '(v, b) ← ProtocolBuffer.read_8 (buffer pb); Ok (v, with_buffer pb b).
Definition write_32 (pb : ProtocolBase) (v : Z) : res ProtocolBase :=
  b ← ProtocolBuffer.write_32 (buffer pb) v; Ok (with_buffer pb b).
Definition write_16 (pb : ProtocolBase) (v : Z) : res ProtocolBase :=
  b ← ProtocolBuffer.write_16 (buffer pb) v; Ok (with_buffer pb b).
Definition write_8 (pb : ProtocolBase) (v : Z) : res ProtocolBase :=
  b ← ProtocolBuffer.write_8 (buffer pb) v; Ok (with_buffer pb b).

Definition read_request (pb : ProtocolBase) : res (Piece * ProtocolBase) :=
  '(index, pb) ← read_32 pb;
  '(offset, pb) ← read_32 pb;
  '(length, pb) ← read_32 pb;
  Ok (mkPiece index offset length, pb).

Definition read_piece (pb : ProtocolBase) (length : Z) : res (Piece * ProtocolBase) :=
  '(index, pb) ← read_32 pb;
  '(offset, pb) ← read_32 pb;
  Ok (mkPiece index offset length, pb).

Definition write_command (pb : ProtocolBase) (c : Protocol) : res ProtocolBase :=
  write_8 (set_last_command pb (protocol_code c)) (protocol_code c).

Definition write_keepalive (pb : ProtocolBase) : res ProtocolBase :=
  pb ← write_32 pb 0; Ok (set_last_command pb (protocol_code KEEP_ALIVE)).
Definition write_choke (pb : ProtocolBase) (s : bool) : res ProtocolBase :=
  pb ← write_32 pb 1; write_command pb (if s then CHOKE else UNCHOKE).
Definition write_interested (pb : ProtocolBase) (s : bool) : res ProtocolBase :=
  pb ← write_32 pb 1; write_command pb (if s then INTERESTED else NOT_INTERESTED).
Definition write_have (pb : ProtocolBase) (index : Z) : res ProtocolBase :=
  pb ← write_32 pb 5; pb ← write_command pb HAVE; write_32 pb index.
Definition write_bitfield (pb : ProtocolBase) (length : Z) : res ProtocolBase :=
  pb ← write_32 pb (u32 (1 + length)); write_command pb BITFIELD.
Definition write_request (pb : ProtocolBase) (p : Piece) : res ProtocolBase :=
  pb ← write_32 pb 13; pb ← write_command pb REQUEST;
  pb ← write_32 pb (m_index p); pb ← write_32 pb (m_offset p); write_32 pb (m_length p).
Definition write_cancel (pb : ProtocolBase) (p : Piece) : res ProtocolBase :=
  pb ← write_32 pb 13; pb ← write_command pb CANCEL;
  pb ← write_32 pb (m_index p); pb ← write_32 pb (m_offset p); write_32 pb (m_length p).
Definition write_piece (pb : ProtocolBase) (p : Piece) : res ProtocolBase :=
  pb ← write_32 pb (u32 (9 + m_length p)); pb ← write_command pb PIECE;
  pb ← write_32 pb (m_index p); write_32 pb (m_offset p).
Definition write_port (pb : ProtocolBase) (port : Z) : res ProtocolBase :=
  pb ← write_32 pb 3; pb ← write_command pb PORT; write_16 pb port.
Definition write_extension (pb : ProtocolBase) (id length : Z) : res ProtocolBase :=
  pb ← write_32 pb (u32 (2 + length)); pb ← write_command pb EXTENSION_PROTOCOL; write_8 pb id.

Definition sizeof_keepalive : Z := 4.
Definition sizeof_choke : Z := 5.
Definition sizeof_interested : Z := 5.
Definition sizeof_have : Z := 9.
Definition sizeof_have_body : Z := 4.
Definition sizeof_bitfield : Z := 5.
Definition sizeof_request : Z := 17.
Definition sizeof_request_body : Z := 12.
Definition sizeof_cancel : Z := 17.
Definition sizeof_piece : Z := 13.
Definition sizeof_piece_body : Z := 8.
Definition sizeof_port : Z := 7.
Definition sizeof_port_body : Z := 2.
Definition sizeof_extension : Z := 6.
Definition sizeof_extension_body : Z := 1.

(** The [can_write_...] and [can_read_..._body] guards, by the size they ask for. *)
Definition can_write (pb : ProtocolBase) (size : Z) : bool := size <=? reserved_left (buffer pb).
Definition can_read (pb : ProtocolBase) (size : Z) : bool := size <=? remaining (buffer pb).
Definition max_write_request (pb : ProtocolBase) : Z := reserved_left (buffer pb) / sizeof_request.

(** ** Messages *)

Inductive message :=
  | Keepalive
  | Choke (s : bool)
  | Interested (s : bool)
  | Have (index : Z)
  | Bitfield (length : Z)
  | Request (p : Piece)
  | Cancel (p : Piece)
  | PieceStart (p : Piece)
  | Port (port : Z)
  | Extension (id length : Z).

Definition write_message (m : message) (pb : ProtocolBase) : res ProtocolBase :=
  match m with
  | Keepalive => write_keepalive pb
  | Choke s => write_choke pb s
  | Interested s => write_interested pb s
  | Have i => write_have pb i
  | Bitfield n => write_bitfield pb n
  | Request p => write_request pb p
  | Cancel p => write_cancel pb p
  | PieceStart p => write_piece pb p
  | Port p => write_port pb p
  | Extension id n => write_extension pb id n
  end.

Definition sizeof_message (m : message) : Z :=
  match m with
  | Keepalive => sizeof_keepalive
  | Choke _ => sizeof_choke
  | Interested _ => sizeof_interested
  | Have _ => sizeof_have
  | Bitfield _ => sizeof_bitfield
  | Request _ => sizeof_request
  | Cancel _ => sizeof_cancel
  | PieceStart _ => sizeof_piece
  | Port _ => sizeof_port
  | Extension _ _ => sizeof_extension
  end.

(** The part of [read_message] that parses: what the message is, or nothing
    when more bytes are needed, with the position back at its beginning. *)
Definition read_header (leech : bool) (pb : ProtocolBase) : res (option message * ProtocolBase) :=
  if remaining (buffer pb) <? 4 then Ok (None, pb)
  else
    let beginning := m_position (buffer pb) in
    '(length, pb) ← read_32 pb;
    let more pb := Ok (None, with_buffer pb (set_position_itr (buffer pb) beginning)) in
    if length =? 0 then Ok (Some Keepalive, set_last_command pb (protocol_code KEEP_ALIVE))
    else if remaining (buffer pb) <? 1 then more pb
    else if Z.shiftl 1 20 <? length then Throw communication_error
    else
      c ← peek_8 (buffer pb);
      '(_, pb) ← read_8 (set_last_command pb c);
      if c =? 0 then Ok (Some (Choke true), pb)
      else if c =? 1 then Ok (Some (Choke false), pb)
      else if c =? 2 then Ok (Some (Interested true), pb)
      else if c =? 3 then Ok (Some (Interested false), pb)
      else if c =? 4 then
        if negb (can_read pb sizeof_have_body) then more pb
        else '(i, pb) ← read_32 pb; Ok (Some (Have i), pb)
      else if c =? 6 then
        if negb (can_read pb sizeof_request_body) then more pb
        else '(p, pb) ← read_request pb; Ok (Some (Request p), pb)
      else if c =? 7 then
        _ ← throw_when (negb leech) communication_error;
        _ ← throw_when (length <? 9) communication_error;
        if negb (can_read pb sizeof_piece_body) then more pb
        else '(p, pb) ← read_piece pb (u32 (length - 9)); Ok (Some (PieceStart p), pb)
      else if c =? 8 then
        if negb (can_read pb sizeof_request_body) then more pb
        else '(p, pb) ← read_request pb; Ok (Some (Cancel p), pb)
      else if c =? 9 then
        if negb (can_read pb sizeof_port_body) then more pb
        else '(p, pb) ← read_16 pb; Ok (Some (Port p), pb)
      else if c =? 20 then
        if negb (can_read pb sizeof_extension_body) then more pb
        else '(id, pb) ← read_8 pb; Ok (Some (Extension id (u32 (length - 2))), pb)
      else Throw communication_error.

(** [ProtocolExtension::FIRST_INVALID] and the longest extension message. *)
Definition first_invalid_extension : Z := 3.
Definition max_extension : Z := Z.shiftl 1 15.

(** What a call of [read_message] comes to: more bytes are needed; a message
    with its data, if it has any, is complete; or the data of a message is yet
    to come, and what there was of it is taken. *)
Inductive reading :=
  | NeedMore
  | Got (m : message) (data : list Z)
  | Begun (m : message) (data : list Z).

(** [down_chunk_from_buffer] and [down_chunk_skip_from_buffer], and the first
    half of [down_extension]: as much of the data as there is in the buffer is
    consumed, and no more than belongs to the message. *)
Definition take_data (m : message) (len : Z) (pb : ProtocolBase) : res (reading * ProtocolBase) :=
  let n := Z.min len (remaining (buffer pb)) in
  '(data, b) ← read_len (buffer pb) (Z.to_nat n);
  Ok (if n =? len then Got m data else Begun m data, with_buffer pb b).

(** One call of [read_message]; what the connection then does with the message
    is not part of it. *)
Definition read_message (leech : bool) (pb : ProtocolBase) : res (reading * ProtocolBase) :=
  '(m, pb) ← read_header leech pb;
  match m with
  | None => Ok (NeedMore, pb)
  | Some (PieceStart p) => take_data (PieceStart p) (m_length p) pb
  | Some (Extension id len) =>
      _ ← throw_when ((first_invalid_extension <=? id) || (max_extension <? len)) communication_error;
      take_data (Extension id len) len pb
  | Some m => Ok (Got m [], pb)
  end.

(** ** The format *)

Definition wire (m : message) : list Z :=
  match m with
  | Keepalive => be 4 0
  | Choke s => be 4 1 ++ be 1 (if s then 0 else 1)
  | Interested s => be 4 1 ++ be 1 (if s then 2 else 3)
  | Have i => be 4 5 ++ be 1 4 ++ be 4 i
  | Bitfield n => be 4 (1 + n) ++ be 1 5
  | Request p => be 4 13 ++ be 1 6 ++ be 4 (m_index p) ++ be 4 (m_offset p) ++ be 4 (m_length p)
  | Cancel p => be 4 13 ++ be 1 8 ++ be 4 (m_index p) ++ be 4 (m_offset p) ++ be 4 (m_length p)
  | PieceStart p => be 4 (9 + m_length p) ++ be 1 7 ++ be 4 (m_index p) ++ be 4 (m_offset p)
  | Port p => be 4 3 ++ be 1 9 ++ be 2 p
  | Extension id n => be 4 (2 + n) ++ be 1 20 ++ be 1 id
  end.

(** Fields at their width, and lengths the reader accepts. *)
Definition message_ok (m : message) : Prop :=
  match m with
  | Keepalive | Choke _ | Interested _ => True
  | Have i => is_u32 i
  | Bitfield n => 0 <= n < 2 ^ 32 - 1
  | Request p | Cancel p => fields_u32 p
  | PieceStart p => fields_u32 p /\ m_length p + 9 <= 2 ^ 20
  | Port p => 0 <= p < 2 ^ 16
  | Extension id n => is_u8 id /\ 0 <= n /\ n + 2 <= 2 ^ 20
  end.

(** [f] appends [s]. *)
Definition appends (n : Z) (f : ProtocolBase -> res ProtocolBase) (s : list Z) : Prop :=
  forall pb, wf n (buffer pb) -> zlen s <= reserved_left (buffer pb) ->
  exists pb', f pb = Ok pb' /\ wf n (buffer pb') /\
    content (buffer pb') = content (buffer pb) ++ s /\
    reserved_left (buffer pb') = reserved_left (buffer pb) - zlen s.

Lemma appends_int n k v (f : ProtocolBase -> ProtocolBase) :
  (forall pb, buffer (f pb) = buffer pb) ->
  appends n (fun pb => b ← write_int k (buffer (f pb)) v; Ok (with_buffer (f pb) b)) (be k v).
Proof.
  intros Hf pb Hw Hl. rewrite Hf. unfold zlen in *. rewrite be_length in *.
  destruct (write_int_spec n k (buffer pb) v Hw Hl) as (b' & -> & Hw' & Hc & Hp & He). res_simpl.
  eexists. split; [reflexivity|]. simpl. split; [done|]. split; [done|].
  rewrite !(reserved_left_wf n) by done. lia.
Qed.

Lemma appends_bind n f g s t : appends n f s -> appends n g t ->
  appends n (fun pb => pb' ← f pb; g pb') (s ++ t).
Proof.
  intros Hf Hg pb Hw Hl. assert (Hz : zlen (s ++ t) = zlen s + zlen t) by (unfold zlen; rewrite length_app; lia).
  pose proof (zlen_nonneg t). destruct (Hf pb Hw ltac:(lia)) as (pb1 & -> & Hw1 & Hc1 & Hr1).
  destruct (Hg pb1 Hw1 ltac:(lia)) as (pb2 & H2 & Hw2 & Hc2 & Hr2). res_simpl.
  exists pb2. split; [done|]. split; [done|]. split; [by rewrite Hc2, Hc1, app_assoc|lia].
Qed.

Lemma appends_32 n v : appends n (fun pb => write_32 pb v) (be 4 v).
Proof. by apply (appends_int n 4 v (fun pb => pb)). Qed.
Lemma appends_16 n v : appends n (fun pb => write_16 pb v) (be 2 v).
Proof. by apply (appends_int n 2 v (fun pb => pb)). Qed.
Lemma appends_8 n v : appends n (fun pb => write_8 pb v) (be 1 v).
Proof. by apply (appends_int n 1 v (fun pb => pb)). Qed.
Lemma appends_command n c : appends n (fun pb => write_command pb c) (be 1 (protocol_code c)).
Proof. by apply (appends_int n 1 _ (fun pb => set_last_command pb (protocol_code c))). Qed.

Create HintDb wire.
#[local] Hint Resolve appends_32 appends_16 appends_8 appends_command appends_bind : wire.

Lemma write_message_appends n m : message_ok m -> appends n (write_message m) (wire m).
Proof.
  destruct m as [|s|s|i|len|p|p|p|p|id len]; unfold write_message, wire; intros Hm; simpl in Hm.
  - intros pb Hw Hl. destruct (appends_32 n 0 pb Hw Hl) as (pb' & H1 & H2 & H3 & H4).
    cbv beta in H1. unfold write_message, write_keepalive. rewrite H1. res_simpl. eexists. split; [reflexivity|]. done.
  - destruct s; (apply appends_bind; [apply appends_32|]);
      [apply (appends_command n CHOKE)|apply (appends_command n UNCHOKE)].
  - destruct s; (apply appends_bind; [apply appends_32|]);
      [apply (appends_command n INTERESTED)|apply (appends_command n NOT_INTERESTED)].
  - apply appends_bind; [auto with wire|]. apply appends_bind; [|auto with wire]. apply (appends_command n HAVE).
  - unfold write_bitfield. rewrite u32_small by lia. apply appends_bind; [auto with wire|].
    apply (appends_command n BITFIELD).
  - repeat (apply appends_bind; [first [apply appends_32|apply (appends_command n REQUEST)]|]). auto with wire.
  - repeat (apply appends_bind; [first [apply appends_32|apply (appends_command n CANCEL)]|]). auto with wire.
  - destruct Hm as [(_ & _ & Hl) H20]. unfold is_u32 in Hl. unfold write_piece. rewrite u32_small by lia.
    repeat (apply appends_bind; [first [apply appends_32|apply (appends_command n PIECE)]|]). auto with wire.
  - repeat (apply appends_bind; [first [apply appends_32|apply (appends_command n PORT)]|]). auto with wire.
  - unfold write_extension. rewrite u32_small by lia.
    repeat (apply appends_bind; [first [apply appends_32|apply (appends_command n EXTENSION_PROTOCOL)]|]). auto with wire.
Qed.

Lemma wire_size m : zlen (wire m) = sizeof_message m.
Proof. unfold zlen. destruct m; reflexivity. Qed.

(** ** Reading *)

(** The buffer is well formed and holds [c]. *)
Definition holds (n : Z) (pb : ProtocolBase) (c : list Z) : Prop :=
  wf n (buffer pb) /\ content (buffer pb) = c.

Lemma holds_remaining n pb c : holds n pb c -> remaining (buffer pb) = zlen c.
Proof. intros [Hw <-]. by destruct (remaining_wf n _ Hw). Qed.

(** The next [k] bytes are read and only the position moves. *)
Definition advances (k : Z) (pb pb' : ProtocolBase) : Prop :=
  m_lastCommand pb' = m_lastCommand pb /\ m_buffer (buffer pb') = m_buffer (buffer pb) /\
  m_end (buffer pb') = m_end (buffer pb) /\ m_position (buffer pb') = m_position (buffer pb) + k.

Lemma read_int_holds n k pb v rest : holds n pb (be k v ++ rest) -> 0 <= v < 256 ^ Z.of_nat k ->
  exists pb', ('(v, b) ← read_int k (buffer pb); Ok (v, with_buffer pb b)) = Ok (v, pb') /\
    peek_int k (buffer pb) = Ok v /\ holds n pb' rest /\ advances (Z.of_nat k) pb pb'.
Proof.
  intros [Hw Hc] Hv. destruct (read_int_spec n k _ v rest Hw Hv Hc) as (b & Hr & Hw' & Hc' & He & Hp).
  rewrite Hr. res_simpl. eexists. split; [reflexivity|]. unfold read_int in Hr.
  destruct (peek_int k (buffer pb)) as [x|e|]; [|done..]. res_simpl. injection Hr as -> <-.
  split; [done|]. split; [by split|]. repeat split.
Qed.

Lemma read_32_holds n pb v rest : holds n pb (be 4 v ++ rest) -> is_u32 v ->
  exists pb', read_32 pb = Ok (v, pb') /\ holds n pb' rest /\ advances 4 pb pb'.
Proof. intros Hh Hv. destruct (read_int_holds n 4 pb v rest Hh Hv) as (pb' & ? & _ & ?). eauto. Qed.

Lemma read_16_holds n pb v rest : holds n pb (be 2 v ++ rest) -> 0 <= v < 2 ^ 16 ->
  exists pb', read_16 pb = Ok (v, pb') /\ holds n pb' rest /\ advances 2 pb pb'.
Proof. intros Hh Hv. destruct (read_int_holds n 2 pb v rest Hh Hv) as (pb' & ? & _ & ?). eauto. Qed.

Lemma read_8_holds n pb v rest : holds n pb (be 1 v ++ rest) -> is_u8 v ->
  exists pb', read_8 pb = Ok (v, pb') /\ holds n pb' rest /\ advances 1 pb pb' /\
    peek_8 (buffer pb) = Ok v.
Proof. intros Hh Hv. destruct (read_int_holds n 1 pb v rest Hh Hv) as (pb' & ? & ? & ? & ?). eauto 7. Qed.

Lemma read_request_holds n pb p rest : fields_u32 p ->
  holds n pb (be 4 (m_index p) ++ be 4 (m_offset p) ++ be 4 (m_length p) ++ rest) ->
  exists pb', read_request pb = Ok (p, pb') /\ holds n pb' rest.
Proof.
  intros (H1 & H2 & H3) Hh. unfold read_request.
  destruct (read_32_holds n pb _ _ Hh H1) as (pb1 & -> & Hh1 & _). res_simpl.
  destruct (read_32_holds n pb1 _ _ Hh1 H2) as (pb2 & -> & Hh2 & _). res_simpl.
  destruct (read_32_holds n pb2 _ _ Hh2 H3) as (pb3 & -> & Hh3 & _). res_simpl. exists pb3. by destruct p.
Qed.

Lemma read_piece_holds n pb p rest : fields_u32 p ->
  holds n pb (be 4 (m_index p) ++ be 4 (m_offset p) ++ rest) ->
  exists pb', read_piece pb (m_length p) = Ok (p, pb') /\ holds n pb' rest.
Proof.
  intros (H1 & H2 & H3) Hh. unfold read_piece.
  destruct (read_32_holds n pb _ _ Hh H1) as (pb1 & -> & Hh1 & _). res_simpl.
  destruct (read_32_holds n pb1 _ _ Hh1 H2) as (pb2 & -> & Hh2 & _). res_simpl. exists pb2. by destruct p.
Qed.

(** A message is a length, a command and a body. *)
Definition length_field (m : message) : Z :=
  match m with
  | Keepalive => 0
  | Choke _ | Interested _ => 1
  | Have _ => 5
  | Bitfield n => 1 + n
  | Request _ | Cancel _ => 13
  | PieceStart p => 9 + m_length p
  | Port _ => 3
  | Extension _ n => 2 + n
  end.
Definition command_field (m : message) : Z :=
  match m with
  | Keepalive => 0
  | Choke s => if s then 0 else 1
  | Interested s => if s then 2 else 3
  | Have _ => 4
  | Bitfield _ => 5
  | Request _ => 6
  | Cancel _ => 8
  | PieceStart _ => 7
  | Port _ => 9
  | Extension _ _ => 20
  end.
Definition body (m : message) : list Z :=
  match m with
  | Keepalive | Choke _ | Interested _ | Bitfield _ => []
  | Have i => be 4 i
  | Request p | Cancel p => be 4 (m_index p) ++ be 4 (m_offset p) ++ be 4 (m_length p)
  | PieceStart p => be 4 (m_index p) ++ be 4 (m_offset p)
  | Port p => be 2 p
  | Extension id _ => be 1 id
  end.

Definition is_keepalive (m : message) : bool := match m with Keepalive => true | _ => false end.
(** A BITFIELD is only read by the handshake. *)
Definition readable (m : message) : bool := match m with Bitfield _ => false | _ => true end.

Lemma wire_fields m : is_keepalive m = false ->
  wire m = be 4 (length_field m) ++ be 1 (command_field m) ++ body m.
Proof. destruct m; try done; intros _; simpl; by rewrite ?app_nil_r. Qed.

Lemma length_field_ok m : message_ok m -> readable m = true -> is_keepalive m = false ->
  0 < length_field m <= 2 ^ 20 /\ is_u8 (command_field m).
Proof.
  unfold is_u8. destruct m as [|s|s|i|len|p|p|p|p|id len]; simpl; try done; intros Hm _ _;
    try (destruct s); unfold fields_u32, is_u32, is_u8 in *; lia.
Qed.

(** The part of [read_message] up to the command. *)
Lemma read_header_fields n m pb tail : message_ok m -> readable m = true -> is_keepalive m = false ->
  holds n pb (be 4 (length_field m) ++ be 1 (command_field m) ++ tail) ->
  exists pb1 pb2, read_32 pb = Ok (length_field m, pb1) /\ (length_field m =? 0) = false /\
    (remaining (buffer pb) <? 4) = false /\ (remaining (buffer pb1) <? 1) = false /\
    (Z.shiftl 1 20 <? length_field m) = false /\ peek_8 (buffer pb1) = Ok (command_field m) /\
    read_8 (set_last_command pb1 (command_field m)) = Ok (command_field m, pb2) /\
    holds n pb2 tail /\ m_buffer (buffer pb2) = m_buffer (buffer pb) /\
    m_end (buffer pb2) = m_end (buffer pb).
Proof.
  intros Hm Hr Hk Hh. destruct (length_field_ok m Hm Hr Hk) as [Hl Hc].
  destruct (read_32_holds n pb _ _ Hh) as (pb1 & H1 & Hh1 & A1); [unfold is_u32; lia|].
  assert (Hh1' : holds n (set_last_command pb1 (command_field m)) (be 1 (command_field m) ++ tail))
    by (destruct Hh1; by split).
  destruct (read_8_holds n _ _ _ Hh1' Hc) as (pb2 & H2 & Hh2 & A2 & Hp).
  exists pb1, pb2. unfold advances in *. cbn [set_last_command buffer m_lastCommand] in *. destruct_and!.
  rewrite (holds_remaining n pb _ Hh), (holds_remaining n pb1 _ Hh1).
  assert (Hz : zlen (be 1 (command_field m) ++ tail) = 1 + zlen tail)
    by (unfold zlen; rewrite length_app, be_length; lia).
  pose proof (zlen_nonneg tail).
  assert (Hz4 : zlen (be 4 (length_field m) ++ be 1 (command_field m) ++ tail) = 5 + zlen tail)
    by (unfold zlen in *; rewrite length_app, be_length; lia).
  rewrite Hz, Hz4. change (Z.shiftl 1 20) with (2 ^ 20).
  split; [done|]. split; [apply Z.eqb_neq; lia|]. split; [apply Z.ltb_ge; lia|].
  split; [apply Z.ltb_ge; lia|]. split; [apply Z.ltb_ge; lia|]. split; [done|]. split; [done|].
  split; [done|]. split; congruence.
Qed.

(** The position goes back to the beginning of an incomplete message. *)
Lemma rewind pb pb2 : m_buffer (buffer pb2) = m_buffer (buffer pb) -> m_end (buffer pb2) = m_end (buffer pb) ->
  set_position_itr (buffer pb2) (m_position (buffer pb)) = buffer pb.
Proof. unfold set_position_itr. intros -> ->. by destruct (buffer pb). Qed.

Ltac header H :=
  let pb1 := fresh "pb1" in let pb2 := fresh "pb2" in
  destruct H as (pb1 & pb2 & H1 & H2 & H3 & H4 & H5 & H6 & H7 & Hh & Hb & He);
  unfold read_header; rewrite H3, H1; res_simpl; rewrite H2, H4, H5; res_simpl;
  rewrite H6; res_simpl; rewrite H7; res_simpl; cbn [command_field Z.eqb Pos.eqb];
  unfold can_read; rewrite ?(holds_remaining _ _ _ Hh).

Lemma zlen_be_app k v (l : list Z) : zlen (be k v ++ l) = Z.of_nat k + zlen l.
Proof. unfold zlen. rewrite length_app, be_length. lia. Qed.

Lemma read_header_wire n m pb rest : message_ok m -> readable m = true ->
  holds n pb (wire m ++ rest) ->
  exists pb', read_header true pb = Ok (Some m, pb') /\ holds n pb' rest.
Proof.
  intros Hm Hr Hh. destruct (is_keepalive m) eqn:Ek.
  { destruct m; try done. simpl wire in Hh. unfold read_header. pose proof (holds_remaining _ _ _ Hh) as Hrem.
    rewrite Hrem, zlen_be_app. pose proof (zlen_nonneg rest).
    rewrite (proj2 (Z.ltb_ge (Z.of_nat 4 + zlen rest) 4)) by lia.
    destruct (read_32_holds n pb 0 rest Hh) as (pb1 & -> & Hh1 & _); [done|]. res_simpl.
    eexists. split; [reflexivity|]. by destruct Hh1. }
  rewrite (wire_fields m Ek), <- !app_assoc in Hh.
  pose proof (read_header_fields n m pb _ Hm Hr Ek Hh) as H. clear Hh. pose proof (zlen_nonneg rest).
  destruct m as [|s|s|i|len|p|p|p|p|id len]; try done; simpl in Hm.
  - destruct s; header H; eauto.
  - destruct s; header H; eauto.
  - header H. cbn [body] in Hh |- *. rewrite zlen_be_app, (proj2 (Z.leb_le _ _)) by (unfold sizeof_have_body; lia).
    destruct (read_32_holds n pb2 i rest Hh Hm) as (pb3 & Hr3 & Hh3 & _). cbn [negb]. rewrite Hr3. res_simpl. eauto.
  - header H. cbn [body] in Hh |- *. rewrite <- !app_assoc in Hh |- *.
    rewrite !zlen_be_app, (proj2 (Z.leb_le _ _)) by (unfold sizeof_request_body; lia).
    destruct (read_request_holds n pb2 p rest Hm Hh) as (pb3 & Hr3 & Hh3). cbn [negb]. rewrite Hr3. res_simpl. eauto.
  - header H. cbn [body] in Hh |- *. rewrite <- !app_assoc in Hh |- *.
    rewrite !zlen_be_app, (proj2 (Z.leb_le _ _)) by (unfold sizeof_request_body; lia).
    destruct (read_request_holds n pb2 p rest Hm Hh) as (pb3 & Hr3 & Hh3). cbn [negb]. rewrite Hr3. res_simpl. eauto.
  - header H. cbn [body length_field] in *. rewrite <- !app_assoc in Hh |- *.
    destruct Hm as [Hf Hl]. pose proof Hf as (_ & _ & Hl0). unfold is_u32 in Hl0.
    rewrite (proj2 (Z.ltb_ge (9 + m_length p) 9)) by lia. cbn [negb]. res_simpl.
    rewrite !zlen_be_app, (proj2 (Z.leb_le _ _)) by (unfold sizeof_piece_body; lia). cbn [negb].
    replace (9 + m_length p - 9) with (m_length p) by lia. rewrite u32_small by lia.
    destruct (read_piece_holds n pb2 p rest Hf Hh) as (pb3 & Hr3 & Hh3). rewrite Hr3. res_simpl. eauto.
  - header H. cbn [body] in Hh |- *. rewrite zlen_be_app, (proj2 (Z.leb_le _ _)) by (unfold sizeof_port_body; lia).
    destruct (read_16_holds n pb2 p rest Hh Hm) as (pb3 & Hr3 & Hh3 & _). cbn [negb]. rewrite Hr3. res_simpl. eauto.
  - header H. cbn [body] in Hh |- *. rewrite zlen_be_app, (proj2 (Z.leb_le _ _)) by (unfold sizeof_extension_body; lia).
    destruct Hm as (Hid & Hl0 & Hl1).
    destruct (read_8_holds n pb2 id rest Hh Hid) as (pb3 & Hr3 & Hh3 & _). cbn [negb]. rewrite Hr3. res_simpl.
    cbn [length_field]. replace (2 + len - 2) with len by lia. rewrite u32_small by lia. eauto.
Qed.

(** ** A connection's stream of messages *)

(** The length of the data that follows a message. *)
Definition data_size (m : message) : Z :=
  match m with PieceStart p => m_length p | Extension _ n => n | _ => 0 end.
(** Messages the reader takes: no bitfield, and extension messages of the kinds
    and lengths that [read_start] accepts. *)
Definition accepted (m : message) : bool :=
  match m with
  | Bitfield _ => false
  | Extension id n => (id <? first_invalid_extension) && (n <=? max_extension)
  | _ => true
  end.

(** The sender: messages go to the buffer, which is sent when there is no room
    for the next one, before the data of a message, and at the end.  The data
    is sent from where it is. *)
Fixpoint send_messages (ms : list (message * list Z)) (pb : ProtocolBase) : res (list Z) :=
  match ms with
  | [] => Ok (content (buffer pb))
  | (m, data) :: ms =>
      let room := can_write pb (sizeof_message m) in
      pb1 ← write_message m (if room then pb else with_buffer pb (reset (buffer pb)));
      let out := if room then [] else content (buffer pb) in
      if data_size m =? 0 then rest ← send_messages ms pb1; Ok (out ++ rest)
      else rest ← send_messages ms (with_buffer pb1 (reset (buffer pb1)));
           Ok (out ++ content (buffer pb1) ++ data ++ rest)
  end.

(** The reader: messages as long as there are complete ones, and the one whose
    data has begun. *)
Fixpoint read_messages (k : nat) (pb : ProtocolBase)
    : res (list (message * list Z) * option (message * list Z) * ProtocolBase) :=
  match k with
  | O => Ok ([], None, pb)
  | S k =>
      '(r, pb) ← read_message true pb;
      match r with
      | NeedMore => Ok ([], None, pb)
      | Begun m data => Ok ([], Some (m, data), pb)
      | Got m data => '(ms, last, pb) ← read_messages k pb; Ok ((m, data) :: ms, last, pb)
      end
  end.

Definition wire_all (ms : list (message * list Z)) : list Z := concat ((fun e => wire (fst e) ++ snd e) <$> ms).
Definition item_ok (e : message * list Z) : Prop :=
  message_ok (fst e) /\ accepted (fst e) = true /\ zlen (snd e) = data_size (fst e).
(** A message of which only the first bytes of the data are there. *)
Definition cut_ok (e : message * list Z) : Prop :=
  message_ok (fst e) /\ accepted (fst e) = true /\ zlen (snd e) < data_size (fst e).
Definition wire_cut (e : option (message * list Z)) : list Z :=
  match e with Some e => wire (fst e) ++ snd e | None => [] end.

Lemma wire_all_cons m data ms : wire_all ((m, data) :: ms) = wire m ++ data ++ wire_all ms.
Proof. unfold wire_all. cbn. by rewrite <- app_assoc. Qed.

Lemma reset_wf n pb : wf n (buffer pb) ->
  wf n (buffer (with_buffer pb (reset (buffer pb)))) /\ content (buffer (with_buffer pb (reset (buffer pb)))) = [] /\
  reserved_left (buffer (with_buffer pb (reset (buffer pb)))) = n.
Proof.
  intros Hw. assert (Hr : wf n (reset (buffer pb))) by (destruct Hw; split; simpl in *; try lia; done).
  split_and!; [done|done|]. cbn [with_buffer buffer]. rewrite (reserved_left_wf n _ Hr). cbn. lia.
Qed.

Lemma sizeof_bound m : 0 < sizeof_message m <= 17.
Proof. destruct m; cbv; split; congruence. Qed.

(** The stream the sender sends is the messages with their data. *)
Lemma send_messages_wire n ms pb : 17 <= n -> Forall item_ok ms -> wf n (buffer pb) ->
  send_messages ms pb = Ok (content (buffer pb) ++ wire_all ms).
Proof.
  intros Hn Hms. revert pb. induction Hms as [|[m data] ms (Hm & Ha & Hd) _ IH]; intros pb Hw; cbn [send_messages].
  { by rewrite app_nil_r. }
  cbn [fst snd] in *. pose proof (sizeof_bound m) as Hs. pose proof (wire_size m) as Hz. destruct (reset_wf n pb Hw) as (R1 & R2 & R3).
  set (pb0 := if can_write pb (sizeof_message m) then pb else _).
  assert (H0 : wf n (buffer pb0) /\ zlen (wire m) <= reserved_left (buffer pb0) /\
    (if can_write pb (sizeof_message m) then [] else content (buffer pb)) ++ content (buffer pb0) = content (buffer pb)).
  { unfold pb0, can_write. destruct (sizeof_message m <=? reserved_left (buffer pb)) eqn:E; bool_prop.
    - split_and!; [done|lia|done].
    - rewrite R2, R3, app_nil_r. split_and!; [done|lia|done]. }
  destruct H0 as (W0 & L0 & C0). set (out := if can_write pb (sizeof_message m) then [] else content (buffer pb)) in *.
  clearbody out pb0. destruct (write_message_appends n m Hm pb0 W0 L0) as (pb1 & -> & W1 & C1 & _). res_simpl.
  rewrite wire_all_cons, (app_assoc (content (buffer pb))), <- C0.
  destruct (data_size m =? 0) eqn:E; bool_prop.
  - assert (data = []) as -> by (destruct data; [done|unfold zlen in *; simpl in *; lia]).
    rewrite (IH pb1 W1), C1. res_simpl. by rewrite <- !app_assoc.
  - destruct (reset_wf n pb1 W1) as (Q1 & Q2 & _). rewrite (IH _ Q1), Q2, C1. res_simpl. by rewrite <- !app_assoc.
Qed.

(** The data of a message that the buffer begins with. *)
Lemma take_data_holds n m len pb data rest : holds n pb (data ++ rest) -> zlen data <= len -> rest = [] \/ zlen data = len ->
  exists pb', take_data m len pb = Ok (if zlen data =? len then Got m data else Begun m data, pb') /\ holds n pb' rest.
Proof.
  intros Hh Hl Hr. pose proof (holds_remaining _ _ _ Hh) as Hrem. destruct Hh as [Hw Hc]. unfold take_data. rewrite Hrem.
  assert (Hmin : Z.min len (zlen (data ++ rest)) = zlen data).
  { unfold zlen in *. rewrite length_app. destruct Hr as [->|Hr]; simpl; lia. }
  rewrite Hmin. assert (Hn : Z.to_nat (zlen data) = length data) by (unfold zlen; lia). rewrite Hn.
  destruct (read_len_spec n (buffer pb) data rest Hw Hc) as (b & -> & Hw' & Hc' & _). res_simpl.
  eexists. split; [reflexivity|]. by split.
Qed.

Lemma accepted_readable m : accepted m = true -> readable m = true.
Proof. by destruct m. Qed.

(** A message with its data, or with the beginning of it. *)
Lemma read_message_holds n m data pb rest : message_ok m -> accepted m = true -> holds n pb (wire m ++ data ++ rest) ->
  zlen data <= data_size m -> rest = [] \/ zlen data = data_size m ->
  exists pb', read_message true pb = Ok (if zlen data =? data_size m then Got m data else Begun m data, pb') /\ holds n pb' rest.
Proof.
  intros Hm Ha Hh Hl Hr. unfold read_message.
  destruct (read_header_wire n m pb (data ++ rest) Hm (accepted_readable m Ha) Hh) as (pb1 & -> & Hh1). res_simpl.
  destruct m as [|b|b|i|len|p|p|p|port|id len]; cbn [data_size] in *;
    try (assert (data = []) as -> by (destruct data; [done|unfold zlen in *; simpl in *; lia]); exists pb1; by split).
  - by apply (take_data_holds n _ _ pb1).
  - cbn [accepted] in Ha. apply andb_true_iff in Ha as [Ha1 Ha2]. apply Z.ltb_lt in Ha1. apply Z.leb_le in Ha2.
    rewrite (proj2 (Z.leb_gt _ _)), (proj2 (Z.ltb_ge _ _)) by lia. cbn [orb]. res_simpl. by apply (take_data_holds n _ _ pb1).
Qed.

Lemma read_messages_holds n ms cut pb : Forall item_ok ms -> match cut with Some e => cut_ok e | None => True end ->
  holds n pb (wire_all ms ++ wire_cut cut) ->
  exists pb', read_messages (S (length ms)) pb = Ok (ms, cut, pb') /\ holds n pb' [].
Proof.
  intros Hms Hcut. revert pb. induction Hms as [|[m data] ms (Hm & Ha & Hd) _ IH]; intros pb Hh.
  - cbn [length read_messages]. destruct cut as [[m data]|]; cbn [wire_cut] in Hh.
    + destruct Hcut as (Hm & Ha & Hd). cbn [fst snd] in *.
      destruct (read_message_holds n m data pb []) as (pb1 & -> & H1); [done|done|by rewrite app_nil_r|lia|by left|]. res_simpl.
      rewrite (proj2 (Z.eqb_neq _ _)) by lia. by exists pb1.
    + unfold read_message, read_header. rewrite (holds_remaining _ _ _ Hh). change (zlen (wire_all [] ++ [])) with 0.
      res_simpl. by exists pb.
  - cbn [fst snd] in *. rewrite wire_all_cons, <- !app_assoc in Hh.
    destruct (read_message_holds n m data pb _ Hm Ha Hh) as (pb1 & Hrd & H1); [lia|by right|].
    rewrite Hd, Z.eqb_refl in Hrd. destruct (IH pb1 H1) as (pb2 & E & H2). exists pb2. split; [|done].
    change (length ((m, data) :: ms)) with (S (length ms)). remember (S (length ms)) as j. cbn [read_messages].
    rewrite Hrd. res_simpl. rewrite E. by res_simpl.
Qed.

(** C36: Messages and the data that belongs to them are sent as the
    concatenation of their wire formats, none written past the end of the send
    buffer.  A reader of a leeching connection whose buffer has such messages,
    and after them perhaps one of which not all data has arrived, gives them
    back in order with their data, and that last one as begun with the data
    there is; nothing is left in the buffer.  Bitfields, which only the
    handshake reads, and extension messages that are too long or of an unknown
    kind are excepted. *)
Theorem messages_roundtrip (n k : Z) (sender reader : ProtocolBase) (ms : list (message * list Z))
    (cut : option (message * list Z)) :
  17 <= n -> wf n (buffer sender) -> content (buffer sender) = [] -> Forall item_ok ms ->
  match cut with Some e => cut_ok e | None => True end ->
  wf k (buffer reader) -> content (buffer reader) = wire_all ms ++ wire_cut cut ->
  send_messages ms sender = Ok (wire_all ms) /\
  exists reader', read_messages (S (length ms)) reader = Ok (ms, cut, reader') /\ content (buffer reader') = [].
Proof.
  intros Hn Hw Hc Hms Hcut Hr Hrc. split; [by rewrite (send_messages_wire n), Hc|].
  destruct (read_messages_holds k ms cut reader Hms Hcut) as (pb' & E & H1); [by split|]. exists pb'. split; [done|by destruct H1].
Qed.

Definition empty_protocol : ProtocolBase := mkProtocolBase 21 (mkProtocolBuffer (replicate 512 0) 0 0).
Definition sample_messages : list (message * list Z) :=
  [(Interested true, []); (PieceStart (mkPiece 3 0 4), [1; 2; 3; 4]); (Have 70000, []);
   (Extension 1 2, [100; 101]); (Request (mkPiece 3 16384 16384), []); (Keepalive, []); (Port 6881, [])].
(** A block of which three bytes have come. *)
Definition sample_cut : option (message * list Z) := Some (PieceStart (mkPiece 4 0 16384), [7; 8; 9]).
Definition sample_stream : list Z := wire_all sample_messages ++ wire_cut sample_cut.
Definition filled_protocol : ProtocolBase :=
  mkProtocolBase 21 (mkProtocolBuffer (sample_stream ++ replicate (512 - length sample_stream) 0) 0 (zlen sample_stream)).

Lemma messages_roundtrip_witness :
  send_messages sample_messages empty_protocol = Ok (wire_all sample_messages) /\
  exists reader', read_messages 8 filled_protocol = Ok (sample_messages, sample_cut, reader') /\ content (buffer reader') = [].
Proof.
  apply (messages_roundtrip 512 512 empty_protocol filled_protocol sample_messages sample_cut).
  - lia.
  - split; simpl; try lia; reflexivity.
  - reflexivity.
  - repeat (apply Forall_cons_2; [split_and!; [simpl; unfold fields_u32, is_u32, is_u8; simpl; lia|reflexivity|reflexivity]|]).
    apply Forall_nil_2.
  - split_and!; [simpl; unfold fields_u32, is_u32; simpl; lia|reflexivity|reflexivity].
  - split; [reflexivity|reflexivity|vm_compute; split; discriminate|vm_compute; discriminate].
  - vm_compute. reflexivity.
Defined.

(** When only a proper prefix of a message has arrived, the reader waits:
    it reports that more is needed and leaves the buffer exactly as it was. *)
Theorem incomplete_message_waits (n : Z) (pb : ProtocolBase) (m : message) (k : nat) :
  message_ok m -> readable m = true -> wf n (buffer pb) -> (k < length (wire m))%nat ->
  content (buffer pb) = take k (wire m) ->
  exists pb', read_header true pb = Ok (None, pb') /\ buffer pb' = buffer pb.
Proof.
  intros Hm Hr Hw Hk Hc. assert (Hh : holds n pb (take k (wire m))) by done.
  pose proof (holds_remaining n pb _ Hh) as Hrem.
  assert (Hz : zlen (take k (wire m)) = Z.of_nat k) by (unfold zlen; rewrite length_take; lia).
  destruct (decide (k < 4)%nat) as [Hk4|Hk4].
  { unfold read_header. rewrite Hrem, Hz, (proj2 (Z.ltb_lt _ _)) by lia. eauto. }
  destruct (is_keepalive m) eqn:Ek; [destruct m; try done; simpl in Hk; lia|].
  destruct (length_field_ok m Hm Hr Ek) as [Hl Hcm].
  rewrite (wire_fields m Ek) in Hh, Hk.
  rewrite take_app_ge in Hh by (rewrite be_length; lia). rewrite be_length in Hh.
  rewrite !length_app, !be_length in Hk.
  destruct (decide (k = 4)%nat) as [->|Hne].
  { change (4 - 4)%nat with 0%nat in Hh. rewrite take_0 in Hh.
    destruct (read_32_holds n pb _ _ Hh) as (pb1 & H1 & Hh1 & A1); [unfold is_u32; lia|].
    unfold read_header. rewrite Hrem, Hz, H1. change (Z.of_nat 4 <? 4) with false. res_simpl.
    rewrite (proj2 (Z.eqb_neq (length_field m) 0)) by lia. rewrite (holds_remaining n pb1 _ Hh1).
    change (zlen (@nil Z) <? 1) with true. cbv iota. eexists. split; [reflexivity|]. simpl.
    unfold advances in A1. apply rewind; tauto. }
  rewrite take_app_ge in Hh by (rewrite be_length; lia). rewrite be_length in Hh.
  replace (k - 4 - 1)%nat with (k - 5)%nat in Hh by lia.
  assert (Hb5 : (k - 5 < length (body m))%nat) by lia.
  pose proof (read_header_fields n m pb _ Hm Hr Ek Hh) as H.
  assert (Hzb : zlen (take (k - 5) (body m)) = Z.of_nat (k - 5)) by (unfold zlen; rewrite length_take; lia).
  assert (Hlt : Z.of_nat (k - 5) < zlen (body m)) by (unfold zlen; lia). clear Hh Hb5.
  destruct m as [|s|s|i|len|p|p|p|p|id len]; try done; cbn [body length_field] in *;
    try (change (zlen (@nil Z)) with 0 in Hlt; lia); try destruct s; simpl in Hm; header H; rewrite Hzb;
    unfold sizeof_have_body, sizeof_request_body, sizeof_piece_body, sizeof_port_body, sizeof_extension_body;
    unfold zlen in Hlt; simpl in Hlt.
  1-3,5-6: rewrite (proj2 (Z.leb_gt _ _)) by lia; cbn [negb]; eexists; (split; [reflexivity|]);
    by apply rewind.
  destruct Hm as [(_ & _ & Hl0) _]. unfold is_u32 in Hl0.
  rewrite (proj2 (Z.ltb_ge (9 + m_length p) 9)) by lia. cbn [negb]. res_simpl.
  rewrite (proj2 (Z.leb_gt _ _)) by lia. cbn [negb]. eexists. split; [reflexivity|]. by apply rewind.
Qed.

Lemma incomplete_message_waits_witness :
  exists pb', read_header true (mkProtocolBase 21
      (mkProtocolBuffer ([0; 0; 0; 5; 4; 0; 0] ++ replicate 505 0) 0 7)) = Ok (None, pb') /\
    buffer pb' = mkProtocolBuffer ([0; 0; 0; 5; 4; 0; 0] ++ replicate 505 0) 0 7.
Proof.
  apply (incomplete_message_waits 512 (mkProtocolBase 21
      (mkProtocolBuffer ([0; 0; 0; 5; 4; 0; 0] ++ replicate 505 0) 0 7)) (Have 9) 7).
  - simpl. unfold is_u32. lia.
  - reflexivity.
  - split; simpl; try lia; reflexivity.
  - simpl. lia.
  - reflexivity.
Defined.

End ProtocolBase.
