(* ===== verification/Throttle.v ===== *)
(** * Bandwidth throttling (src/net/throttle_list.*, throttle_node.h,
    throttle_internal.*, src/torrent/throttle.cc)

    [ThrottleList] hands out quota to the connections of a throttle: a list of
    nodes, the active ones before [m_splitActive] and the ones waiting for
    quota from it on.  [ThrottleInternal] is the tree of throttles that shares
    each tick's quota between the slaves and the own list.  The theorems are
    the accounting: quota is never created, lost or taken twice. *)

From S2P Require Import Prelude Scheduler Rate.

Module ThrottleList.

(** A node; [listed] says that [m_listIterator] is not [end()]. *)
Record ThrottleNode := mkThrottleNode {
  m_quota : Z;
  m_rate : Rate.Rate;
  listed : bool
}.

(** The list is [active ++ inactive], [m_splitActive] points to the first of
    [inactive]; nodes are named by numbers and kept in a store; [activated]
    is the trace of the calls of the nodes' activation slots. *)
Record ThrottleList := mkThrottleList {
  m_enabled : bool;
  active : list nat;
  inactive : list nat;
  nodes : gmap nat ThrottleNode;
  m_size : Z;
  m_outstandingQuota : Z;
  m_unallocatedQuota : Z;
  m_unusedUnthrottledQuota : Z;
  m_rateAdded : Z;
  m_minChunkSize : Z;
  m_maxChunkSize : Z;
  m_rateSlow : Rate.Rate;
  activated : list nat
}.

Definition new_list : ThrottleList :=
  mkThrottleList false [] [] ∅ 0 0 0 0 0 (Z.shiftl 2 10) (Z.shiftl 16 10) (Rate.new_rate 60) [].

Definition with_quotas (t : ThrottleList) (o u x : Z) : ThrottleList :=
  mkThrottleList (m_enabled t) (active t) (inactive t) (nodes t) (m_size t) o u x (m_rateAdded t)
    (m_minChunkSize t) (m_maxChunkSize t) (m_rateSlow t) (activated t).
Definition with_nodes (t : ThrottleList) (ns : gmap nat ThrottleNode) : ThrottleList :=
  mkThrottleList (m_enabled t) (active t) (inactive t) ns (m_size t) (m_outstandingQuota t)
    (m_unallocatedQuota t) (m_unusedUnthrottledQuota t) (m_rateAdded t) (m_minChunkSize t)
    (m_maxChunkSize t) (m_rateSlow t) (activated t).
Definition with_lists (t : ThrottleList) (a i : list nat) (size : Z) (trace : list nat) : ThrottleList :=
  mkThrottleList (m_enabled t) a i (nodes t) size (m_outstandingQuota t)
    (m_unallocatedQuota t) (m_unusedUnthrottledQuota t) (m_rateAdded t) (m_minChunkSize t)
    (m_maxChunkSize t) (m_rateSlow t) trace.
Definition with_enabled (t : ThrottleList) (b : bool) : ThrottleList :=
  mkThrottleList b (active t) (inactive t) (nodes t) (m_size t) (m_outstandingQuota t)
    (m_unallocatedQuota t) (m_unusedUnthrottledQuota t) (m_rateAdded t) (m_minChunkSize t)
    (m_maxChunkSize t) (m_rateSlow t) (activated t).
Definition with_rates (t : ThrottleList) (added : Z) (slow : Rate.Rate) : ThrottleList :=
  mkThrottleList (m_enabled t) (active t) (inactive t) (nodes t) (m_size t) (m_outstandingQuota t)
    (m_unallocatedQuota t) (m_unusedUnthrottledQuota t) added (m_minChunkSize t)
    (m_maxChunkSize t) slow (activated t).
Definition set_chunk_sizes (t : ThrottleList) (min max : Z) : ThrottleList :=
  mkThrottleList (m_enabled t) (active t) (inactive t) (nodes t) (m_size t) (m_outstandingQuota t)
    (m_unallocatedQuota t) (m_unusedUnthrottledQuota t) (m_rateAdded t) min max (m_rateSlow t) (activated t).

Definition node (t : ThrottleList) (k : nat) : res ThrottleNode := of_deref (nodes t !! k).
Definition set_node (t : ThrottleList) (k : nat) (n : ThrottleNode) : ThrottleList :=
  with_nodes t (<[k := n]> (nodes t)).
Definition set_quota (n : ThrottleNode) (q : Z) : ThrottleNode := mkThrottleNode q (m_rate n) (listed n).

Definition is_active (t : ThrottleList) (k : nat) : bool := bool_decide (k ∈ active t).
Definition is_inactive (t : ThrottleList) (k : nat) : bool := bool_decide (k ∈ inactive t).
Definition is_throttled (t : ThrottleList) (k : nat) : res bool := n ← node t k; Ok (listed n).

Definition allocate_quota (t : ThrottleList) (k : nat) : res ThrottleList :=
  n ← node t k;
  if m_minChunkSize t <=? m_quota n then Ok t
  else
    let quota := Z.min (u32 (m_maxChunkSize t - m_quota n)) (m_unallocatedQuota t) in
    let t := set_node t k (set_quota n (u32 (m_quota n + quota))) in
    Ok (with_quotas t (u32 (m_outstandingQuota t + quota)) (u32 (m_unallocatedQuota t - quota))
          (m_unusedUnthrottledQuota t)).

Definition enable (t : ThrottleList) : res ThrottleList :=
  if m_enabled t then Ok t
  else
    _ ← throw_when (negb (match active t ++ inactive t with [] => true | _ => false end) &&
                    match active t with [] => true | _ => false end) internal_error;
    Ok (with_enabled t true).

(** Every listed node loses its quota, the inactive ones are activated. *)
Definition disable (t : ThrottleList) : ThrottleList :=
  if negb (m_enabled t) then t
  else
    let t := with_quotas (with_enabled t false) 0 0 0 in
    let ns := foldr (fun k ns => alter (fun n => set_quota n 0) k ns) (nodes t) (active t ++ inactive t) in
    with_lists (with_nodes t ns) (active t ++ inactive t) [] (m_size t) (activated t ++ inactive t).

(** [while (m_splitActive != end())], over the inactive nodes. *)
Fixpoint activate_loop (l : list nat) (t : ThrottleList) : res ThrottleList :=
  match l with
  | [] => Ok t
  | k :: l =>
      t ← allocate_quota t k;
      n ← node t k;
      if m_quota n <? m_minChunkSize t then Ok t
      else
        activate_loop l (with_lists t (active t ++ [k]) (tail (inactive t)) (m_size t)
                           (activated t ++ [k]))
  end.

Definition update_quota (t : ThrottleList) (quota : Z) : res (Z * ThrottleList) :=
  _ ← throw_when (negb (m_enabled t)) internal_error;
  let t := with_quotas t (m_outstandingQuota t)
             (u32 (m_unallocatedQuota t + m_unusedUnthrottledQuota t)) quota in
  t ← activate_loop (inactive t) t;
  let used := s32 quota in
  if quota <? m_unallocatedQuota t then
    Ok (s32 (used - (m_unallocatedQuota t - quota)),
        with_quotas t (m_outstandingQuota t) quota (m_unusedUnthrottledQuota t))
  else Ok (used, t).

Definition node_quota (t : ThrottleList) (k : nat) : res Z :=
  if negb (m_enabled t) then Ok (2 ^ 31 - 1)
  else if negb (is_active t k) then Throw internal_error
  else
    n ← node t k;
    if m_minChunkSize t <=? u32 (m_quota n + m_unallocatedQuota t)
    then Ok (u32 (m_quota n + m_unallocatedQuota t)) else Ok 0.

Definition add_rate (now : Z) (t : ThrottleList) (used : Z) : res ThrottleList :=
  r ← Rate.insert now (m_rateSlow t) used;
  Ok (with_rates t (u32 (m_rateAdded t + used)) r).

Definition rate_added (t : ThrottleList) : Z * ThrottleList :=
  (m_rateAdded t, with_rates t 0 (m_rateSlow t)).

Definition node_used (now : Z) (t : ThrottleList) (k : nat) (used : Z) : res (Z * ThrottleList) :=
  t ← add_rate now t used;
  n ← node t k;
  r ← Rate.insert now (m_rate n) used;
  let n := mkThrottleNode (m_quota n) r (listed n) in
  let t := set_node t k n in
  if (used =? 0) || negb (m_enabled t) || negb (listed n) then Ok (used, t)
  else
    let quota := Z.min used (m_quota n) in
    _ ← throw_when (m_outstandingQuota t <? quota) internal_error;
    let t := set_node t k (set_quota n (m_quota n - quota)) in
    Ok (used, with_quotas t (m_outstandingQuota t - quota)
                (m_unallocatedQuota t - Z.min (used - quota) (m_unallocatedQuota t))
                (m_unusedUnthrottledQuota t)).

Definition node_used_unthrottled (now : Z) (t : ThrottleList) (used : Z) : res (Z * ThrottleList) :=
  t ← add_rate now t used;
  let avail := Z.min used (m_unusedUnthrottledQuota t) in
  Ok (used, with_quotas t (m_outstandingQuota t)
              (m_unallocatedQuota t - Z.min (used - avail) (m_unallocatedQuota t))
              (m_unusedUnthrottledQuota t - avail)).

Definition node_deactivate (t : ThrottleList) (k : nat) : res ThrottleList :=
  _ ← throw_when (negb (is_active t k)) internal_error;
  Ok (with_lists t (List.remove Nat.eq_dec k (active t)) (inactive t ++ [k]) (m_size t) (activated t)).

Definition insert (t : ThrottleList) (k : nat) : res ThrottleList :=
  n ← node t k;
  if listed n then Ok t
  else
    t ← (if negb (m_enabled t) then
           let t := match inactive t with
                    | [] => with_lists t (active t ++ [k]) [] (m_size t) (activated t)
                    | _ => with_lists t (active t) (inactive t ++ [k]) (m_size t) (activated t)
                    end in
           Ok (set_node t k (mkThrottleNode 0 (m_rate n) true))
         else
           let t := with_lists t (active t ++ [k]) (inactive t) (m_size t) (activated t) in
           allocate_quota (set_node t k (mkThrottleNode (m_quota n) (m_rate n) true)) k);
    Ok (with_lists t (active t) (inactive t) (u32 (m_size t + 1)) (activated t)).

Definition erase (t : ThrottleList) (k : nat) : res ThrottleList :=
  n ← node t k;
  if negb (listed n) then Ok t
  else
    _ ← throw_when (m_size t =? 0) internal_error;
    t ← (if negb (m_quota n =? 0) then
           _ ← throw_when (m_outstandingQuota t <? m_quota n) internal_error;
           Ok (with_quotas t (m_outstandingQuota t - m_quota n)
                 (u32 (m_unallocatedQuota t + m_quota n)) (m_unusedUnthrottledQuota t))
         else Ok t);
    let t := with_lists t (List.remove Nat.eq_dec k (active t)) (List.remove Nat.eq_dec k (inactive t))
               (u32 (m_size t - 1)) (activated t) in
    Ok (set_node t k (mkThrottleNode 0 (m_rate n) false)).

(** ** The invariant *)

Definition quota_of (t : ThrottleList) (k : nat) : Z :=
  match nodes t !! k with Some n => m_quota n | None => 0 end.
Definition members (t : ThrottleList) : list nat := active t ++ inactive t.
Definition sum_quota (t : ThrottleList) (l : list nat) : Z := foldr (fun k a => quota_of t k + a) 0 l.

(** All the quota the list has: handed out, to be handed out, and kept for
    the connections outside the list. *)
Definition total (t : ThrottleList) : Z :=
  m_outstandingQuota t + m_unallocatedQuota t + m_unusedUnthrottledQuota t.

Record core (t : ThrottleList) : Prop := {
  core_nodup : NoDup (members t);
  core_listed : forall k n, nodes t !! k = Some n -> listed n = true <-> k ∈ members t;
  core_known : forall k, k ∈ members t -> is_Some (nodes t !! k);
  core_quota : forall k n, nodes t !! k = Some n -> 0 <= m_quota n;
  core_free : forall k n, nodes t !! k = Some n -> listed n = false -> m_quota n = 0;
  core_sum : m_outstandingQuota t = sum_quota t (members t);
  core_nonneg : 0 <= m_unallocatedQuota t /\ 0 <= m_unusedUnthrottledQuota t;
  core_width : total t < 2 ^ 32;
  core_chunks : 0 <= m_minChunkSize t <= m_maxChunkSize t /\ m_maxChunkSize t < 2 ^ 32;
  core_disabled : m_enabled t = false -> inactive t = [] /\ total t = 0
}.

Definition inv (t : ThrottleList) : Prop :=
  core t /\ m_size t = zlen (members t) /\ zlen (members t) < 2 ^ 32.

(** ** Operations as events *)

Inductive op :=
  | OpEnable
  | OpDisable
  | OpUpdate (quota : Z)
  | OpUsed (now : Z) (k : nat) (used : Z)
  | OpUsedUnthrottled (now used : Z)
  | OpDeactivate (k : nat)
  | OpInsert (k : nat)
  | OpErase (k : nat).

(** The value the call returns, when it returns one, and the new state. *)
Definition apply (o : op) (t : ThrottleList) : res (Z * ThrottleList) :=
  match o with
  | OpEnable => t ← enable t; Ok (0, t)
  | OpDisable => Ok (0, disable t)
  | OpUpdate quota => update_quota t quota
  | OpUsed now k used => node_used now t k used
  | OpUsedUnthrottled now used => node_used_unthrottled now t used
  | OpDeactivate k => t ← node_deactivate t k; Ok (0, t)
  | OpInsert k => t ← insert t k; Ok (0, t)
  | OpErase k => t ← erase t k; Ok (0, t)
  end.

(** What the callers guarantee: amounts within the width, known nodes, amounts
    the rate counters take, and that an active node is deactivated when
    [node_quota] has just answered that it has nothing left. *)
Definition op_ok (o : op) (t : ThrottleList) : Prop :=
  match o with
  | OpEnable | OpDisable => True
  | OpUpdate quota => 0 <= quota < 2 ^ 31 /\ total t + quota < 2 ^ 31
  | OpUsed now k used =>
      0 <= used /\ exists n r1 r2, nodes t !! k = Some n /\
        Rate.insert now (m_rateSlow t) used = Ok r1 /\ Rate.insert now (m_rate n) used = Ok r2
  | OpUsedUnthrottled now used =>
      0 <= used /\ exists r, Rate.insert now (m_rateSlow t) used = Ok r
  | OpDeactivate k => k ∈ active t -> node_quota t k = Ok 0
  | OpInsert k => is_Some (nodes t !! k) /\ zlen (members t) < 2 ^ 32 - 1
  | OpErase k => is_Some (nodes t !! k)
  end.

(** The calls that are refused: an update of a list that is not enabled, and
    deactivating a node that is not active. *)
Definition refused (o : op) (t : ThrottleList) : Prop :=
  match o with
  | OpUpdate _ => m_enabled t = false
  | OpDeactivate k => k ∉ active t
  | _ => False
  end.

(** How the total quota moves: an update adds what it reports and no more than
    it was given; a transfer of a listed node takes what was used, as far as
    the node's and the unallocated quota go, and one outside the list what the
    unthrottled and the unallocated quota have; disabling drops all, and the
    other calls only move quota around. *)
Definition accounts (o : op) (t : ThrottleList) (r : Z) (t' : ThrottleList) : Prop :=
  match o with
  | OpDisable => total t' = 0
  | OpUpdate quota => total t' = total t + r /\ r <= quota
  | OpUsed _ k used =>
      r = used /\ total t' = total t - (if m_enabled t && bool_decide (k ∈ members t)
                                        then Z.min used (quota_of t k + m_unallocatedQuota t) else 0)
  | OpUsedUnthrottled _ used =>
      r = used /\ total t' = total t - Z.min used (m_unusedUnthrottledQuota t + m_unallocatedQuota t)
  | OpEnable | OpDeactivate _ | OpInsert _ | OpErase _ => total t' = total t
  end.

(** ** Sums of quotas *)

Lemma sum_quota_app t a b : sum_quota t (a ++ b) = sum_quota t a + sum_quota t b.
Proof. induction a as [|k a IH]; simpl; [done|]. unfold sum_quota in *. simpl. lia. Qed.

Lemma sum_quota_ext t t' l : (forall k, k ∈ l -> quota_of t k = quota_of t' k) ->
  sum_quota t l = sum_quota t' l.
Proof.
  induction l as [|k l IH]; intros H; [done|]. unfold sum_quota in *. simpl.
  rewrite (H k) by left. rewrite IH; [done|]. intros j Hj. apply H. by right.
Qed.

Lemma sum_quota_change t t' l k : NoDup l -> k ∈ l ->
  (forall j, j <> k -> quota_of t' j = quota_of t j) ->
  sum_quota t' l = sum_quota t l - quota_of t k + quota_of t' k.
Proof.
  induction l as [|j l IH]; intros Hn Hk He; [by apply elem_of_nil in Hk|].
  apply NoDup_cons in Hn as [Hj Hn]. unfold sum_quota in *. simpl. destruct (decide (j = k)) as [->|Hne].
  - pose proof (sum_quota_ext t t' l) as E. unfold sum_quota in E. rewrite E; [lia|].
    intros i Hi. symmetry. apply He. by intros ->.
  - rewrite (He j) by done. rewrite IH; [lia|done| |done]. by apply elem_of_cons in Hk as [?|?].
Qed.

Lemma sum_quota_remove t l k : NoDup l -> k ∈ l ->
  sum_quota t (List.remove Nat.eq_dec k l) = sum_quota t l - quota_of t k.
Proof.
  induction l as [|j l IH]; intros Hn Hk; [by apply elem_of_nil in Hk|].
  apply NoDup_cons in Hn as [Hj Hn]. simpl. destruct (Nat.eq_dec k j) as [->|Hne].
  - rewrite List.notin_remove by (by rewrite <- list_elem_of_In). unfold sum_quota. simpl. lia.
  - unfold sum_quota in *. simpl. rewrite IH; [lia|done|]. by apply elem_of_cons in Hk as [?|?].
Qed.

Lemma sum_quota_nonneg t l : (forall k, 0 <= quota_of t k) -> 0 <= sum_quota t l.
Proof. intros H. induction l as [|k l IH]; simpl; [done|]. unfold sum_quota in *. simpl. specialize (H k). lia. Qed.

Lemma sum_quota_member t l k : (forall k, 0 <= quota_of t k) -> k ∈ l -> quota_of t k <= sum_quota t l.
Proof.
  intros H Hk. induction l as [|j l IH]; [by apply elem_of_nil in Hk|]. unfold sum_quota in *. simpl.
  pose proof (sum_quota_nonneg t l H) as Hl. unfold sum_quota in Hl. pose proof (H j).
  apply elem_of_cons in Hk as [->|Hk]; [lia|]. specialize (IH Hk). lia.
Qed.

Lemma quota_nonneg t : core t -> forall k, 0 <= quota_of t k.
Proof.
  intros Hc k. unfold quota_of. destruct (nodes t !! k) as [n|] eqn:E; [|lia].
  by apply (core_quota t Hc k n).
Qed.

Lemma core_bounds t : core t -> 0 <= m_outstandingQuota t /\
  0 <= m_unallocatedQuota t /\ 0 <= m_unusedUnthrottledQuota t /\ total t < 2 ^ 32.
Proof.
  intros Hc. pose proof (core_nonneg t Hc) as [? ?]. pose proof (core_width t Hc).
  rewrite (core_sum t Hc). split; [apply sum_quota_nonneg, quota_nonneg, Hc|]. done.
Qed.

(** ** One node's quota changes *)

Lemma set_quota_core t k n q o u x : core t -> k ∈ members t -> nodes t !! k = Some n ->
  0 <= q -> o = m_outstandingQuota t - m_quota n + q -> 0 <= u -> 0 <= x -> o + u + x < 2 ^ 32 ->
  m_enabled t = true ->
  core (with_quotas (set_node t k (set_quota n q)) o u x).
Proof.
  intros Hc Hk Hn Hq -> Hu Hx Hw He. destruct Hc as [Hnd Hl Hkn Hqn Hf Hs Hnn Hwd Hch Hd].
  assert (Hlk : forall j m, <[k := set_quota n q]> (nodes t) !! j = Some m ->
    (j = k /\ m = set_quota n q) \/ (j <> k /\ nodes t !! j = Some m)).
  { intros j m Hj. apply lookup_insert_Some in Hj as [[-> <-]|[? ?]]; [by left|by right]. }
  split; cbn [with_quotas set_node with_nodes nodes m_enabled m_outstandingQuota m_unallocatedQuota
    m_unusedUnthrottledQuota m_minChunkSize m_maxChunkSize]; try done.
  - intros j m Hj. destruct (Hlk j m Hj) as [[-> ->]|[_ Hm]]; [|by apply Hl]. simpl. by apply Hl.
  - intros j Hj. destruct (decide (j = k)) as [->|]; [rewrite lookup_insert_eq; by eexists|].
    rewrite lookup_insert_ne by done. by apply Hkn.
  - intros j m Hj. destruct (Hlk j m Hj) as [[-> ->]|[_ Hm]]; [done|by apply (Hqn j)].
  - intros j m Hj Hlm. destruct (Hlk j m Hj) as [[-> ->]|[_ Hm]]; [|by apply (Hf j)].
    simpl in Hlm. apply (Hl k n Hn) in Hk. congruence.
  - rewrite Hs. match goal with |- _ = sum_quota ?t2 _ => set (t' := t2) end.
    change (members t') with (members t).
    pose proof (sum_quota_change t t' (members t) k Hnd Hk) as E.
    assert (quota_of t k = m_quota n) as Ek by (unfold quota_of; by rewrite Hn).
    assert (quota_of t' k = q) as Ek' by (unfold quota_of, t'; simpl; by rewrite lookup_insert_eq).
    rewrite E, Ek, Ek'; [lia|]. intros j Hj. unfold quota_of, t'. simpl. by rewrite lookup_insert_ne by done.
  - congruence.
Qed.

Lemma node_known t k : core t -> k ∈ members t -> exists n, nodes t !! k = Some n /\ quota_of t k = m_quota n.
Proof. intros Hc Hk. destruct (core_known t Hc k Hk) as [n Hn]. exists n. unfold quota_of. by rewrite Hn. Qed.

(** What [allocate_quota] leaves alone. *)
Definition same_shape (t t' : ThrottleList) : Prop :=
  active t' = active t /\ inactive t' = inactive t /\ m_enabled t' = m_enabled t /\
  m_size t' = m_size t /\ m_unusedUnthrottledQuota t' = m_unusedUnthrottledQuota t /\
  m_minChunkSize t' = m_minChunkSize t /\ activated t' = activated t.

Lemma allocate_core t k : core t -> k ∈ members t -> m_enabled t = true ->
  exists t', allocate_quota t k = Ok t' /\ core t' /\ total t' = total t /\ same_shape t t'.
Proof.
  intros Hc Hk He. destruct (node_known t k Hc Hk) as (n & Hn & Eq). unfold allocate_quota, node.
  rewrite Hn. res_simpl. pose proof (core_bounds t Hc) as (Ho & Hu & Hx & Hw). unfold total in Hw.
  pose proof (core_chunks t Hc) as [Hch Hmx]. pose proof (core_quota t Hc k n Hn) as Hq.
  destruct (Z.leb_spec (m_minChunkSize t) (m_quota n)) as [Hge|Hlt].
  { exists t. split; [done|]. split; [done|]. split; [done|]. by repeat split. }
  rewrite (u32_small (m_maxChunkSize t - m_quota n)) by lia.
  set (quota := Z.min (m_maxChunkSize t - m_quota n) (m_unallocatedQuota t)).
  cbn [set_node with_nodes m_outstandingQuota m_unallocatedQuota m_unusedUnthrottledQuota].
  assert (Hle : m_quota n <= m_outstandingQuota t).
  { rewrite (core_sum t Hc), <- Eq. by apply sum_quota_member; [apply quota_nonneg|]. }
  assert (0 <= quota <= m_unallocatedQuota t) by lia.
  rewrite !u32_small by lia. eexists. split; [reflexivity|]. split; [|split].
  - apply set_quota_core; try done; lia.
  - unfold total. cbn [with_quotas m_outstandingQuota m_unallocatedQuota m_unusedUnthrottledQuota]. lia.
  - by repeat split.
Qed.

Lemma activate_loop_core l : forall t, core t -> inactive t = l -> m_enabled t = true ->
  exists t', activate_loop l t = Ok t' /\ core t' /\ total t' = total t /\ members t' = members t /\
    m_size t' = m_size t /\ m_unusedUnthrottledQuota t' = m_unusedUnthrottledQuota t /\ m_enabled t' = true.
Proof.
  induction l as [|k l IH]; intros t Hc Hin He.
  { exists t. split; [done|]. split; [done|]. by repeat split. }
  assert (Hk : k ∈ members t) by (unfold members; rewrite Hin; apply elem_of_app; right; left).
  cbn [activate_loop]. destruct (allocate_core t k Hc Hk He) as (t1 & -> & Hc1 & Ht1 & Hs1). res_simpl.
  destruct Hs1 as (Ha & Hi & He1 & Hsz & Hx & Hmin & Htr).
  assert (Hm1 : members t1 = members t) by (unfold members; by rewrite Ha, Hi).
  assert (Hk1 : k ∈ members t1) by (by rewrite Hm1).
  destruct (node_known t1 k Hc1 Hk1) as (n & Hn & _). unfold node. rewrite Hn. res_simpl.
  destruct (m_quota n <? m_minChunkSize t1).
  { exists t1. split; [done|]. split; [done|]. split; [done|]. split; [done|]. split; [done|]. split; [done|].
    by rewrite He1. }
  set (t2 := with_lists t1 (active t1 ++ [k]) (tail (inactive t1)) (m_size t1) (activated t1 ++ [k])).
  assert (Hm2 : members t2 = members t1).
  { unfold members, t2. cbn [with_lists active inactive]. rewrite Hi, Hin. simpl. by rewrite <- app_assoc. }
  assert (Hc2 : core t2).
  { destruct Hc1 as [Hnd Hl Hkn Hqn Hf Hs Hnn Hwd Hch Hd].
    split; rewrite ?Hm2; try done. simpl. rewrite He1, He. done. }
  destruct (IH t2 Hc2) as (t3 & H3 & Hc3 & Ht3 & Hm3 & Hsz3 & Hx3 & He3).
  { simpl. by rewrite Hi, Hin. }
  { simpl. by rewrite He1. }
  exists t3. split; [done|]. split; [done|]. split; [by rewrite Ht3|]. split; [by rewrite Hm3, Hm2|].
  split; [by rewrite Hsz3|]. split; [by rewrite Hx3|done].
Qed.

Lemma with_quotas_core t u x : core t -> 0 <= u -> 0 <= x -> m_enabled t = true ->
  m_outstandingQuota t + u + x < 2 ^ 32 -> core (with_quotas t (m_outstandingQuota t) u x).
Proof.
  intros [Hnd Hl Hkn Hqn Hf Hs Hnn Hwd Hch Hd] Hu Hx He Hw. split; try done. simpl. congruence.
Qed.

Lemma update_inv t quota : inv t -> m_enabled t = true -> op_ok (OpUpdate quota) t ->
  exists r t', update_quota t quota = Ok (r, t') /\ inv t' /\ total t' = total t + r /\ r <= quota.
Proof.
  intros (Hc & Hsz & Hlen) He (Hq & Hw). pose proof (core_bounds t Hc) as (Ho & Hu & Hx & Hw32).
  unfold total in Hw, Hw32. unfold update_quota. rewrite He. cbn [negb]. res_simpl.
  rewrite u32_small by lia. set (t0 := with_quotas t _ _ quota).
  assert (Hc0 : core t0) by (apply with_quotas_core; (done || lia)).
  destruct (activate_loop_core (inactive t0) t0 Hc0 eq_refl He) as (t1 & -> & Hc1 & Ht1 & Hm1 & Hs1 & Hx1 & He1).
  res_simpl. pose proof (core_bounds t1 Hc1) as (Ho1 & Hu1 & _ & _).
  assert (Hx1' : m_unusedUnthrottledQuota t1 = quota) by (rewrite Hx1; done).
  assert (Htt : m_outstandingQuota t1 + m_unallocatedQuota t1 + quota = total t + quota).
  { rewrite <- Hx1' at 1. change (total t1 = total t + quota). rewrite Ht1. unfold total, t0. simpl. lia. }
  unfold total in Htt. rewrite (s32_small quota) by lia.
  assert (Hinv1 : inv t1) by (split; [done|]; rewrite Hs1, Hm1; by split).
  destruct (Z.ltb_spec quota (m_unallocatedQuota t1)) as [Hlt|Hge].
  - rewrite s32_small by lia. do 2 eexists. split; [reflexivity|].
    rewrite Hx1'. split.
    + split; [apply with_quotas_core; (done || lia)|]. apply Hinv1.
    + unfold total. cbn [with_quotas m_outstandingQuota m_unallocatedQuota m_unusedUnthrottledQuota]. lia.
  - do 2 eexists. split; [reflexivity|]. split; [done|]. unfold total. lia.
Qed.

Definition frame (t t' : ThrottleList) : Prop :=
  m_enabled t' = m_enabled t /\ m_rateAdded t' = m_rateAdded t /\ m_rateSlow t' = m_rateSlow t.

Lemma allocate_frame t k t' : allocate_quota t k = Ok t' -> frame t t'.
Proof. unfold allocate_quota. intros H. res_inv. case_bool; res_inv; done. Qed.

Lemma activate_loop_frame l t t' : activate_loop l t = Ok t' -> frame t t'.
Proof.
  revert t. induction l as [|k l IH]; intros t H; simpl in H; res_inv; [done|].
  apply allocate_frame in E as (E1 & E2 & E3). case_bool; res_inv; [by split|].
  apply IH in H as (H1 & H2 & H3). simpl in *. unfold frame. rewrite H1, H2, H3. done.
Qed.

Lemma update_quota_frame t quota r t' : update_quota t quota = Ok (r, t') -> frame t t'.
Proof.
  unfold update_quota. intros H. res_inv. apply activate_loop_frame in E0.
  case_bool; res_inv; done.
Qed.

(** A change that keeps members, nodes, quotas and switches keeps the invariant. *)
Lemma core_same t t' : core t -> members t' = members t -> nodes t' = nodes t ->
  m_outstandingQuota t' = m_outstandingQuota t -> m_unallocatedQuota t' = m_unallocatedQuota t ->
  m_unusedUnthrottledQuota t' = m_unusedUnthrottledQuota t -> m_minChunkSize t' = m_minChunkSize t ->
  m_maxChunkSize t' = m_maxChunkSize t -> (m_enabled t' = false -> m_enabled t = false /\ inactive t' = []) ->
  core t'.
Proof.
  intros [Hnd Hl Hkn Hqn Hf Hs Hnn Hwd Hch Hd] Em En Eo Eu Ex Emin Emax Ee.
  assert (Et : total t' = total t) by (unfold total; by rewrite Eo, Eu, Ex).
  split; rewrite ?Em, ?En, ?Eo, ?Eu, ?Ex, ?Emin, ?Emax, ?Et; try done.
  - rewrite Hs. apply sum_quota_ext. intros k _. unfold quota_of. by rewrite En.
  - intros He. destruct (Ee He) as [He0 Hi]. destruct (Hd He0). by split.
Qed.

(** Updating a node without touching its quota or its membership. *)
Lemma set_rate_core t k n r : core t -> nodes t !! k = Some n ->
  core (set_node t k (mkThrottleNode (m_quota n) r (listed n))).
Proof.
  intros [Hnd Hl Hkn Hqn Hf Hs Hnn Hwd Hch Hd] Hn.
  assert (Hlk : forall j m, <[k := mkThrottleNode (m_quota n) r (listed n)]> (nodes t) !! j = Some m ->
    exists m0, nodes t !! j = Some m0 /\ m_quota m = m_quota m0 /\ listed m = listed m0).
  { intros j m Hj. apply lookup_insert_Some in Hj as [[-> <-]|[? ?]]; [by exists n|by exists m]. }
  split; try done; cbn [set_node with_nodes nodes].
  - intros j m Hj. destruct (Hlk j m Hj) as (m0 & Hm0 & _ & ->). by apply Hl.
  - intros j Hj. destruct (decide (j = k)) as [->|]; [rewrite lookup_insert_eq; by eexists|].
    rewrite lookup_insert_ne by done. by apply Hkn.
  - intros j m Hj. destruct (Hlk j m Hj) as (m0 & Hm0 & -> & _). by apply (Hqn j).
  - intros j m Hj Hlm. destruct (Hlk j m Hj) as (m0 & Hm0 & -> & E). apply (Hf j); [done|]. by rewrite <- E.
  - rewrite Hs at 1. apply sum_quota_ext. intros j _. unfold quota_of. simpl.
    destruct (decide (j = k)) as [->|]; [by rewrite lookup_insert_eq, Hn|by rewrite lookup_insert_ne].
Qed.

Lemma used_inv now t k used : inv t -> op_ok (OpUsed now k used) t ->
  exists r t', node_used now t k used = Ok (r, t') /\ inv t' /\ accounts (OpUsed now k used) t r t'.
Proof.
  intros (Hc & Hsz & Hlen) (H0 & n & r1 & r2 & Hn & Hr1 & Hr2). unfold node_used, add_rate.
  rewrite Hr1. res_simpl. unfold node. cbn [with_rates nodes]. rewrite Hn. res_simpl. rewrite Hr2. res_simpl.
  set (t1 := with_rates t _ r1).
  assert (Hc1 : core t1) by (apply (core_same t); try done; simpl; intros He; split; [done|by apply Hc]).
  set (n2 := mkThrottleNode (m_quota n) r2 (listed n)).
  assert (Hc2 : core (set_node t1 k n2)) by (by apply set_rate_core).
  set (t2 := set_node t1 k n2) in *. pose proof (core_bounds t Hc) as (Ho & Hu & Hx & Hw).
  assert (Hq : quota_of t k = m_quota n) by (unfold quota_of; by rewrite Hn).
  pose proof (core_quota t Hc k n Hn) as Hq0.
  destruct ((used =? 0) || negb (m_enabled t2) || negb (listed n2)) eqn:E.
  { do 2 eexists. split; [reflexivity|]. split; [by split|]. simpl. change (total t2) with (total t).
    split; [done|]. destruct (m_enabled t) eqn:He; cbn [andb]; [|lia]. case_bool_decide as Hm; [|lia].
    apply (core_listed t Hc k n Hn) in Hm. change (m_enabled t2) with (m_enabled t) in E. rewrite He in E.
    cbn [n2 listed] in E. rewrite Hm in E. cbn [negb] in E. rewrite !orb_false_r in E. bool_prop. lia. }
  apply orb_false_iff in E as [E Eli]. apply orb_false_iff in E as [Eu Een]. bool_prop.
  cbn [listed n2] in Eli. pose proof Eli as Hmem. apply (core_listed t Hc k n Hn) in Hmem.
  assert (Hle : m_quota n <= m_outstandingQuota t).
  { rewrite (core_sum t Hc), <- Hq. by apply sum_quota_member; [apply quota_nonneg|]. }
  change (m_quota n2) with (m_quota n). change (m_outstandingQuota t2) with (m_outstandingQuota t).
  rewrite (proj2 (Z.ltb_ge (m_outstandingQuota t) (Z.min used (m_quota n)))) by lia. res_simpl.
  unfold total in Hw. do 2 eexists. split; [reflexivity|]. split.
  - split; [|by split]. apply set_quota_core; try done;
      cbn [n2 t2 t1 set_node with_nodes with_rates m_quota m_outstandingQuota m_unallocatedQuota m_unusedUnthrottledQuota];
      try lia. unfold t2. simpl. by rewrite lookup_insert_eq.
  - unfold accounts, total. cbn [t2 t1 with_quotas set_node with_nodes with_rates m_outstandingQuota
      m_unallocatedQuota m_unusedUnthrottledQuota]. split; [done|]. change (m_enabled t2) with (m_enabled t) in Een.
    rewrite Een, bool_decide_eq_true_2, Hq by done. cbn [andb]. lia.
Qed.

Lemma used_unthrottled_inv now t used : inv t -> op_ok (OpUsedUnthrottled now used) t ->
  exists r t', node_used_unthrottled now t used = Ok (r, t') /\ inv t' /\
    accounts (OpUsedUnthrottled now used) t r t'.
Proof.
  intros (Hc & Hsz & Hlen) (H0 & r1 & Hr1). unfold node_used_unthrottled, add_rate.
  rewrite Hr1. res_simpl. cbv zeta. set (t1 := with_rates t _ r1).
  assert (Hc1 : core t1) by (apply (core_same t); try done; simpl; intros He; split; [done|by apply Hc]).
  pose proof (core_bounds t Hc) as (Ho & Hu & Hx & Hw). unfold total in Hw.
  do 2 eexists. split; [reflexivity|]. split.
  - split; [|by split]. destruct (m_enabled t) eqn:He.
    + apply with_quotas_core; try done; cbn [t1 with_rates m_outstandingQuota m_unallocatedQuota m_unusedUnthrottledQuota]; lia.
    + destruct (core_disabled t Hc He) as [Hi Ht]. unfold total in Ht.
      apply (core_same t1); try done; cbn [t1 with_quotas with_rates m_unallocatedQuota m_unusedUnthrottledQuota m_enabled]; try lia.
  - unfold accounts, total. cbn [t1 with_quotas with_rates m_outstandingQuota m_unallocatedQuota m_unusedUnthrottledQuota].
    split; [done|]. lia.
Qed.

Lemma no_quota_enabled t k : node_quota t k = Ok 0 -> m_enabled t = true.
Proof. unfold node_quota. destruct (m_enabled t); [done|]. cbn [negb]. intros [=]. Qed.

Lemma deactivate_inv t k : inv t -> m_enabled t = true -> k ∈ active t ->
  exists t', node_deactivate t k = Ok t' /\ inv t' /\ total t' = total t.
Proof.
  intros (Hc & Hsz & Hlen) He Hk. unfold node_deactivate, is_active.
  rewrite bool_decide_eq_true_2 by done. cbn [negb]. res_simpl. eexists. split; [reflexivity|].
  set (t' := with_lists t _ _ _ _). pose proof (core_nodup t Hc) as Hnd. unfold members in Hnd.
  apply NoDup_app in Hnd as (Ha & Hd & Hi).
  assert (Hmem : forall j, j ∈ members t' <-> j ∈ members t).
  { intros j. unfold members, t'. simpl. rewrite !elem_of_app, elem_of_remove, list_elem_of_singleton.
    destruct (decide (j = k)) as [->|]; tauto. }
  assert (Hnd' : NoDup (members t')).
  { unfold members, t'. simpl. apply NoDup_app. split; [by apply NoDup_remove_nat|]. split.
    - intros j Hj. apply elem_of_remove in Hj as [Hj Hne]. rewrite elem_of_app, list_elem_of_singleton.
      intros [?|?]; [by apply (Hd j)|done].
    - apply NoDup_app. split; [done|]. split; [|apply NoDup_singleton].
      intros j Hj ->%list_elem_of_singleton. by apply (Hd k). }
  assert (Hperm : members t' ≡ₚ members t) by (by apply NoDup_Permutation; [|apply (core_nodup t Hc)|]).
  assert (Hz : zlen (members t') = zlen (members t)) by (unfold zlen; by rewrite Hperm).
  split; [|done]. split; [|by rewrite Hz].
  destruct Hc as [_ Hl Hkn Hqn Hf Hs Hnn Hwd Hch Hds]. split; try done.
  - intros j n Hj. rewrite Hmem. by apply Hl.
  - intros j Hj. apply Hkn. by apply Hmem.
  - simpl. rewrite Hs. unfold members at 2. unfold t'. cbn [with_lists active inactive].
    change (sum_quota (with_lists _ _ _ _ _)) with (sum_quota t). unfold members.
    rewrite !sum_quota_app, sum_quota_remove by done. unfold sum_quota. simpl. lia.
  - simpl. congruence.
Qed.

(** A node joins: it is known, not a member, and has no quota. *)
Lemma join_core t k n a i : core t -> nodes t !! k = Some n -> listed n = false ->
  a ++ i ≡ₚ k :: members t -> NoDup (a ++ i) ->
  (m_enabled t = false -> i = []) ->
  core (set_node (with_lists t a i (m_size t) (activated t)) k (mkThrottleNode (m_quota n) (m_rate n) true)).
Proof.
  intros Hc Hn Hl0 Hp Hnd' Hen. pose proof (core_free t Hc k n Hn Hl0) as Hq0.
  destruct Hc as [Hnd Hl Hkn Hqn Hf Hs Hnn Hwd Hch Hd].
  assert (Hlk : forall j m, <[k := mkThrottleNode (m_quota n) (m_rate n) true]> (nodes t) !! j = Some m ->
    (j = k /\ m_quota m = 0 /\ listed m = true) \/ (j <> k /\ nodes t !! j = Some m)).
  { intros j m Hj. apply lookup_insert_Some in Hj as [[-> <-]|[? ?]]; [left; by rewrite <- Hq0|by right]. }
  split; cbn [set_node with_nodes with_lists nodes active inactive members]; try done.
  - intros j m Hj. rewrite Hp, elem_of_cons. destruct (Hlk j m Hj) as [(-> & _ & ->)|[Hne Hm]]; [tauto|].
    rewrite (Hl j m Hm). unfold members. tauto.
  - intros j Hj. rewrite Hp in Hj. apply elem_of_cons in Hj as [->|Hj]; [rewrite lookup_insert_eq; by eexists|].
    destruct (decide (j = k)) as [->|]; [rewrite lookup_insert_eq; by eexists|].
    rewrite lookup_insert_ne by done. by apply Hkn.
  - intros j m Hj. destruct (Hlk j m Hj) as [(-> & -> & _)|[Hne Hm]]; [lia|by apply (Hqn j)].
  - intros j m Hj Hlm. destruct (Hlk j m Hj) as [(-> & _ & ?)|[Hne Hm]]; [congruence|by apply (Hf j)].
  - simpl. rewrite Hs. match goal with |- _ = sum_quota ?t2 _ => set (t' := t2) end.
    assert (Hq : forall j, quota_of t' j = quota_of t j).
    { intros j. unfold quota_of, t'. simpl. destruct (decide (j = k)) as [->|];
        [by rewrite lookup_insert_eq, Hn|by rewrite lookup_insert_ne]. }
    transitivity (sum_quota t (a ++ i)); [|apply sum_quota_ext; intros j _; by rewrite Hq].
    assert (Hperm : forall l l', l ≡ₚ l' -> sum_quota t l = sum_quota t l').
    { clear. unfold sum_quota. induction 1; simpl; lia. }
    rewrite (Hperm _ _ Hp). unfold sum_quota at 2. simpl. unfold quota_of at 1. rewrite Hn, Hq0. done.
  - intros He. split; [by apply Hen|by apply Hd].
Qed.

Lemma insert_inv t k : inv t -> op_ok (OpInsert k) t ->
  exists t', insert t k = Ok t' /\ inv t' /\ total t' = total t.
Proof.
  intros (Hc & Hsz & Hlen) [[n Hn] Hlt]. unfold insert, node. rewrite Hn. res_simpl.
  destruct (listed n) eqn:El; [exists t; by split; [|split; [split|]]|].
  assert (Hnk : k ∉ members t) by (intros Hk; apply (core_listed t Hc k n Hn) in Hk; congruence).
  pose proof (core_free t Hc k n Hn El) as Hq0. pose proof (core_nodup t Hc) as Hnd. unfold members in Hnd, Hnk.
  assert (Hnd2 : NoDup ((active t ++ [k]) ++ inactive t)).
  { rewrite <- app_assoc. apply NoDup_app in Hnd as (Ha & Hd & Hi). rewrite elem_of_app in Hnk. apply NoDup_app.
    split; [done|]. split; [intros j Hj [->|?]%elem_of_cons; [tauto|by apply (Hd j)]|].
    apply NoDup_cons. tauto. }
  assert (Hp2 : (active t ++ [k]) ++ inactive t ≡ₚ k :: members t).
  { unfold members. rewrite <- app_assoc. simpl. symmetry. apply Permutation_middle. }
  assert (Hsize : forall t1, core t1 -> m_size t1 = m_size t -> members t1 ≡ₚ k :: members t ->
    inv (with_lists t1 (active t1) (inactive t1) (u32 (m_size t1 + 1)) (activated t1))).
  { intros t1 Hc1 Hs1 Hp1. assert (Hz : zlen (members t1) = zlen (members t) + 1)
      by (unfold zlen; rewrite Hp1; simpl; lia). pose proof (zlen_nonneg (members t)).
    split; [apply (core_same t1); try done; intros He; split; [done|by apply Hc1]|].
    change (members (with_lists _ _ _ _ _)) with (members t1). simpl. rewrite Hz, Hs1, Hsz, u32_small by lia. lia. }
  destruct (m_enabled t) eqn:He; cbn [negb].
  - pose proof (join_core t k n (active t ++ [k]) (inactive t) Hc Hn El Hp2 Hnd2) as Hj.
    specialize (Hj ltac:(congruence)). set (t1 := set_node _ k _) in *.
    destruct (allocate_core t1 k Hj) as (t2 & -> & Hc2 & Ht2 & (Ea & Ei & _ & Es & _ & _ & _)).
    { unfold members, t1. simpl. rewrite !elem_of_app, list_elem_of_singleton. tauto. }
    { done. }
    res_simpl. eexists. split; [reflexivity|]. split; [|exact Ht2]. apply Hsize; [done|done|].
    unfold members at 1. rewrite Ea, Ei. done.
  - res_simpl. destruct (core_disabled t Hc He) as [Hi _]. rewrite Hi in *. eexists. split; [reflexivity|].
    pose proof (join_core t k n (active t ++ [k]) [] Hc Hn El Hp2 Hnd2 (fun _ => eq_refl)) as Hj.
    rewrite Hq0 in Hj. split; [|done]. by apply Hsize.
Qed.

Lemma erase_inv t k : inv t -> op_ok (OpErase k) t ->
  exists t', erase t k = Ok t' /\ inv t' /\ total t' = total t.
Proof.
  intros (Hc & Hsz & Hlen) [n Hn]. unfold erase, node. rewrite Hn. res_simpl.
  destruct (listed n) eqn:El; cbn [negb]; [|exists t; by split; [|split; [split|]]].
  pose proof El as Hk. apply (core_listed t Hc k n Hn) in Hk.
  assert (Hne : m_size t <> 0).
  { rewrite Hsz. unfold zlen. destruct (members t); [by apply elem_of_nil in Hk|simpl; lia]. }
  rewrite (proj2 (Z.eqb_neq _ _) Hne). res_simpl.
  assert (Hq : quota_of t k = m_quota n) by (unfold quota_of; by rewrite Hn).
  pose proof (core_quota t Hc k n Hn) as Hq0. pose proof (core_bounds t Hc) as (Ho & Hu & Hx & Hw). unfold total in Hw.
  assert (Hle : m_quota n <= m_outstandingQuota t).
  { rewrite (core_sum t Hc), <- Hq. by apply sum_quota_member; [apply quota_nonneg|]. }
  set (t1 := with_quotas t (m_outstandingQuota t - m_quota n) (m_unallocatedQuota t + m_quota n)
               (m_unusedUnthrottledQuota t)).
  assert ((if negb (m_quota n =? 0) then
      _ ← throw_when (m_outstandingQuota t <? m_quota n) internal_error;
      Ok (with_quotas t (m_outstandingQuota t - m_quota n) (u32 (m_unallocatedQuota t + m_quota n))
            (m_unusedUnthrottledQuota t)) else Ok t) = Ok t1) as ->.
  { destruct (Z.eqb_spec (m_quota n) 0) as [E|E]; cbn [negb].
    - unfold t1. rewrite E, Z.sub_0_r, Z.add_0_r. by destruct t.
    - rewrite (proj2 (Z.ltb_ge _ _) Hle). res_simpl. rewrite u32_small by lia. done. }
  res_simpl. eexists. split; [reflexivity|]. set (t2 := set_node _ k _).
  assert (Hm2 : members t2 = List.remove Nat.eq_dec k (members t)) by (unfold members; by rewrite List.remove_app).
  split; [|unfold total; simpl; lia]. split.
  - destruct Hc as [Hnd Hl Hkn Hqn Hf Hs Hnn Hwd Hch Hd].
    assert (Hlk : forall j m, nodes t2 !! j = Some m ->
      (j = k /\ m_quota m = 0 /\ listed m = false) \/ (j <> k /\ nodes t !! j = Some m)).
    { intros j m Hj. unfold t2 in Hj. cbn [set_node with_nodes with_lists nodes] in Hj.
      apply lookup_insert_Some in Hj as [[<- <-]|[? ?]]; [by left|by right]. }
    split; rewrite ?Hm2; try done.
    + by apply NoDup_remove_nat.
    + intros j m Hj. rewrite elem_of_remove. destruct (Hlk j m Hj) as [(-> & _ & ->)|[Hne2 Hm]].
      * split; [done|tauto].
      * rewrite (Hl j m Hm). tauto.
    + intros j Hj. apply elem_of_remove in Hj as [Hj Hne2]. simpl. rewrite lookup_insert_ne by done. by apply Hkn.
    + intros j m Hj. destruct (Hlk j m Hj) as [(-> & -> & _)|[Hne2 Hm]]; [lia|by apply (Hqn j)].
    + intros j m Hj Hlm. destruct (Hlk j m Hj) as [(-> & -> & _)|[Hne2 Hm]]; [done|by apply (Hf j)].
    + simpl. rewrite Hs, <- Hq, <- sum_quota_remove by done. apply sum_quota_ext.
      intros j Hj. apply elem_of_remove in Hj as [_ Hne2]. unfold quota_of. simpl. by rewrite lookup_insert_ne.
    + simpl. lia.
    + unfold total. simpl. lia.
    + simpl. intros He. destruct (Hd He) as [Hi Ht]. unfold total in *. simpl. rewrite Hi. split; [done|lia].
  - rewrite Hm2, length_remove_nat by (done || apply (core_nodup t Hc)).
    pose proof (zlen_nonneg (members t)). simpl. rewrite Hsz, u32_small by lia. lia.
Qed.

Lemma disable_nodes l (ns : gmap nat ThrottleNode) j :
  foldr (fun k ns => alter (fun n => set_quota n 0) k ns) ns l !! j =
  (if decide (j ∈ l) then (fun n => set_quota n 0) <$> ns !! j else ns !! j).
Proof.
  induction l as [|k l IH]; [by rewrite decide_False by (by intros ?%elem_of_nil)|].
  cbn [foldr]. destruct (decide (j = k)) as [->|Hne].
  - rewrite lookup_alter_eq, IH. rewrite (decide_True (P := k ∈ k :: l)) by left.
    destruct (decide (k ∈ l)); [|done]. by destruct (ns !! k).
  - rewrite lookup_alter_ne, IH by done. destruct (decide (j ∈ l)) as [Hj|Hj].
    + rewrite decide_True by (by right). done.
    + rewrite decide_False; [done|]. intros [?|?]%elem_of_cons; done.
Qed.

Lemma disable_inv t : inv t -> inv (disable t) /\ total (disable t) = 0.
Proof.
  intros (Hc & Hsz & Hlen). unfold disable. destruct (m_enabled t) eqn:He; cbn [negb].
  2: { split; [by split|]. by apply (core_disabled t Hc He). }
  cbv zeta. split; [|done]. set (t' := with_lists _ _ _ _ _).
  assert (Hm : members t' = members t) by (unfold members; simpl; by rewrite app_nil_r).
  assert (Hlk : forall j m, nodes t' !! j = Some m -> exists n, nodes t !! j = Some n /\
    listed m = listed n /\ m_quota m = (if decide (j ∈ members t) then 0 else m_quota n)).
  { intros j m Hj. change (nodes t') with (foldr (fun k ns => alter (fun n => set_quota n 0) k ns) (nodes t) (members t)) in Hj.
    rewrite disable_nodes in Hj. destruct (decide (j ∈ members t)); [|by exists m].
    destruct (nodes t !! j) as [n|]; [|done]. simpl in Hj. simplify_eq. by exists n. }
  split; [|rewrite Hm; by split]. destruct Hc as [Hnd Hl Hkn Hqn Hf Hs Hnn Hwd Hch Hd].
  split; rewrite ?Hm; try done.
  - intros j m Hj. destruct (Hlk j m Hj) as (n & Hn & -> & _). by apply Hl.
  - intros j Hj. change (nodes t') with (foldr (fun k ns => alter (fun n => set_quota n 0) k ns) (nodes t) (members t)).
    rewrite disable_nodes, decide_True by done. destruct (Hkn j Hj) as [n ->]. by eexists.
  - intros j m Hj. destruct (Hlk j m Hj) as (n & Hn & _ & ->). destruct (decide _); [done|by apply (Hqn j)].
  - intros j m Hj Hlm. destruct (Hlk j m Hj) as (n & Hn & E & ->). destruct (decide _); [done|].
    apply (Hf j); [done|congruence].
  - change (m_outstandingQuota t') with 0. assert (Hz : forall l, (forall j, j ∈ l -> j ∈ members t) -> sum_quota t' l = 0).
    { induction l as [|j l IH]; intros Hin; [done|]. unfold sum_quota. simpl.
      assert (quota_of t' j = 0) as ->.
      { unfold quota_of. destruct (nodes t' !! j) as [m|] eqn:Ej; [|done].
        destruct (Hlk j m Ej) as (n & Hn & _ & ->). rewrite decide_True; [done|]. apply Hin. by left. }
      unfold sum_quota in IH. rewrite IH; [done|]. intros i Hi. apply Hin. by right. }
    by rewrite Hz.
Qed.

Lemma enable_inv t : inv t -> exists t', enable t = Ok t' /\ inv t' /\ total t' = total t.
Proof.
  intros (Hc & Hsz & Hlen). unfold enable. destruct (m_enabled t) eqn:He; [exists t; by split; [|split; [split|]]|].
  destruct (core_disabled t Hc He) as [Hi _]. rewrite Hi, app_nil_r.
  assert (negb (match active t with [] => true | _ => false end) &&
    match active t with [] => true | _ => false end = false) as -> by (by destruct (active t)).
  res_simpl. eexists. split; [reflexivity|]. split; [|done]. split; [|by split].
  by apply (core_same t).
Qed.


(** An enabled list with an active node that has quota and a waiting one. *)
Definition sample_list : ThrottleList :=
  mkThrottleList true [1%nat] [2%nat]
    (<[1%nat := mkThrottleNode 3000 (Rate.new_rate 30) true]>
      {[2%nat := mkThrottleNode 0 (Rate.new_rate 30) true]}) 2 3000 500 1000 0 2048 16384
    (Rate.new_rate 60) [].

Lemma sample_list_inv : inv sample_list.
Proof.
  split; [|done]. split; try done.
  - apply NoDup_ListNoDup. repeat constructor; simpl; lia.
  - intros k n Hk. unfold sample_list in Hk. cbn [nodes] in Hk. apply lookup_insert_Some in Hk as [[<- <-]|[Hne Hk]].
    + split; [|done]. intros _. apply elem_of_cons. by left.
    + apply lookup_singleton_Some in Hk as [<- <-]. split; [|done]. intros _.
      apply elem_of_cons. right. apply elem_of_cons. by left.
  - intros k Hk. change (members sample_list) with [1%nat; 2%nat] in Hk.
    apply elem_of_cons in Hk as [->|Hk]; [by eexists|]. apply list_elem_of_singleton in Hk as ->. by eexists.
  - intros k n Hk. unfold sample_list in Hk. cbn [nodes] in Hk. apply lookup_insert_Some in Hk as [[<- <-]|[Hne Hk]]; [done|].
    by apply lookup_singleton_Some in Hk as [<- <-].
  - intros k n Hk. unfold sample_list in Hk. cbn [nodes] in Hk. apply lookup_insert_Some in Hk as [[<- <-]|[Hne Hk]]; [done|].
    by apply lookup_singleton_Some in Hk as [<- <-].
Qed.


End ThrottleList.

Module Throttle.
Import ThrottleList.

(** [Throttle] and [ThrottleInternal] in one record; [m_next_slave] is an
    index, equal to the number of slaves for [end()]; [m_task_tick] is the
    entry of the scheduler for the next tick. *)
Inductive Throttle := mkThrottle {
  is_root : bool;
  m_maxRate : Z;
  m_throttleList : ThrottleList;
  m_slave_list : list Throttle;
  m_next_slave : nat;
  m_unused_quota : Z;
  m_time_last_tick : Z;
  m_task_tick : SchedulerEntry.entry
}.

Definition new_throttle (root : bool) (now : Z) (rate : Z) : Throttle :=
  mkThrottle root rate new_list [] 0 0 now None.
Definition create_throttle (now : Z) : Throttle := new_throttle true now 0.

Definition is_throttled (t : Throttle) : bool :=
  negb (m_maxRate t =? 0) && (m_maxRate t <? 2 ^ 32 - 1).

Definition calculate_min_chunk_size (t : Throttle) : Z :=
  if m_maxRate t <=? Z.shiftl 8 10 then Z.shiftl 1 9
  else if m_maxRate t <=? Z.shiftl 32 10 then Z.shiftl 2 9
  else if m_maxRate t <=? Z.shiftl 64 10 then Z.shiftl 3 9
  else if m_maxRate t <=? Z.shiftl 128 10 then Z.shiftl 4 9
  else if m_maxRate t <=? Z.shiftl 512 10 then Z.shiftl 8 9
  else if m_maxRate t <=? Z.shiftl 2048 10 then Z.shiftl 16 9
  else Z.shiftl 32 9.

Definition calculate_max_chunk_size (t : Throttle) : Z := u32 (calculate_min_chunk_size t * 4).

(** [rate()] drops the old entries of the rate; the interval is in microseconds. *)
Definition calculate_interval (sec : Z) (t : Throttle) : res (Z * ThrottleList) :=
  '(rate, slow) ← Rate.rate sec (m_rateSlow (m_throttleList t));
  let l := with_rates (m_throttleList t) (m_rateAdded (m_throttleList t)) slow in
  let rate := u32 rate in
  if rate <? 1024 then Ok (10 * 100000, l)
  else
    let interval := u32 (5 * m_maxChunkSize l) / rate in
    if interval =? 0 then Ok (1 * 100000, l)
    else if 10 <? interval then Ok (10 * 100000, l)
    else Ok (interval * 100000, l).

Definition fraction_bits : Z := 16.
Definition fraction_base : Z := Z.shiftl 1 fraction_bits.

(** [std::min<uint32_t>(quota, static_cast<uint64_t>(fraction) * max_rate() >> fraction_bits)] *)
Definition need_of (quota fraction rate : Z) : Z :=
  Z.min quota (u32 (Z.shiftr (u64 (fraction * rate)) fraction_bits)).

Definition set_list (t : Throttle) (l : ThrottleList) : Throttle :=
  mkThrottle (is_root t) (m_maxRate t) l (m_slave_list t) (m_next_slave t) (m_unused_quota t)
    (m_time_last_tick t) (m_task_tick t).

(** The loop over the slaves from [m_next_slave] on: [skip] slaves are before
    it, [recv] is [receive_quota] on a slave.  Returns the slaves, the new
    [m_next_slave], [m_unused_quota] and the own list. *)
Definition slave_loop (recv : Z -> Throttle -> res (Z * Throttle)) (sec quota fraction : Z) :=
  fix loop (skip : nat) (l : list Throttle) (unused : Z) (own : ThrottleList)
      : res (list Throttle * nat * Z * ThrottleList) :=
  match l with
  | [] => Ok ([], O, unused, own)
  | s :: l' =>
      match skip with
      | S k =>
          '(l2, i, unused, own) ← loop k l' unused own;
          Ok (s :: l2, S i, unused, own)
      | O =>
          let need := need_of quota fraction (m_maxRate s) in
          if unused <? need then Ok (l, O, unused, own)
          else
            '(used, s) ← recv need s;
            let unused := u32 (unused - used) in
            let '(added, sl) := rate_added (m_throttleList s) in
            own ← add_rate sec own added;
            '(l2, i, unused, own) ← loop O l' unused own;
            Ok (set_list s sl :: l2, S i, unused, own)
      end
  end.

Fixpoint receive_quota (sec quota fraction : Z) (t : Throttle) {struct t} : res (Z * Throttle) :=
  match t with
  | mkThrottle root rate own slaves next unused last task =>
      let unused := u32 (unused + quota) in
      '(slaves, next, unused, own) ←
        slave_loop (fun need s => receive_quota sec need fraction s) sec quota fraction
          next slaves unused own;
      let need := need_of quota fraction rate in
      '(own, next, unused) ←
        (if (next =? length slaves)%nat && (need <=? unused) then
           '(used, own) ← update_quota own need;
           Ok (own, O, u32 (unused - used))
         else Ok (own, next, unused));
      if quota <? unused then
        Ok (s32 (s32 quota - (unused - quota)), mkThrottle root rate own slaves next quota last task)
      else Ok (s32 quota, mkThrottle root rate own slaves next unused last task)
  end.

(** [now] in microseconds; the rates use the seconds of the same clock. *)
Definition receive_tick (now : Z) (t : Throttle) : res Throttle :=
  _ ← throw_when (now <? m_time_last_tick t + 90000) internal_error;
  let count_usec := u64 (now - m_time_last_tick t) in
  let quota := u32 (u64 (count_usec * m_maxRate t) / 1000000) in
  let fraction := u32 (u64 (count_usec * fraction_base) / 1000000) in
  '(_, t) ← receive_quota (now / 1000000) quota fraction t;
  '(interval, l) ← calculate_interval (now / 1000000) t;
  e ← SchedulerEntry.wait_for_ceil_seconds now (m_task_tick t) interval;
  Ok (mkThrottle (is_root t) (m_maxRate t) l (m_slave_list t) (m_next_slave t) (m_unused_quota t) now e).

Fixpoint enable_slaves (l : list Throttle) : res (list Throttle) :=
  match l with
  | [] => Ok []
  | s :: l =>
      sl ← ThrottleList.enable (m_throttleList s);
      l ← enable_slaves l;
      Ok (set_list s sl :: l)
  end.

Definition enable (now : Z) (t : Throttle) : res Throttle :=
  own ← ThrottleList.enable (m_throttleList t);
  slaves ← enable_slaves (m_slave_list t);
  let t := mkThrottle (is_root t) (m_maxRate t) own slaves (m_next_slave t) (m_unused_quota t)
             (m_time_last_tick t) (m_task_tick t) in
  if is_root t then
    receive_tick now
      (mkThrottle (is_root t) (m_maxRate t) own slaves (m_next_slave t) (m_unused_quota t)
         (Z.max (now - 1000000) 0) (m_task_tick t))
  else Ok t.

Definition disable (t : Throttle) : Throttle :=
  let slaves := List.map (fun s => set_list s (ThrottleList.disable (m_throttleList s))) (m_slave_list t) in
  mkThrottle (is_root t) (m_maxRate t) (ThrottleList.disable (m_throttleList t)) slaves
    (m_next_slave t) (m_unused_quota t) (m_time_last_tick t)
    (if is_root t then None else m_task_tick t).

(** The new slave is the last of the list. *)
Definition create_slave (now : Z) (t : Throttle) : res Throttle :=
  let slave := new_throttle false now (m_maxRate t) in
  slave ← (if m_enabled (m_throttleList t) then enable now slave else Ok slave);
  let slaves := m_slave_list t ++ [slave] in
  Ok (mkThrottle (is_root t) (m_maxRate t) (m_throttleList t) slaves (length slaves)
        (m_unused_quota t) (m_time_last_tick t) (m_task_tick t)).

Definition set_max_rate (now : Z) (t : Throttle) (v : Z) : res Throttle :=
  if v =? m_maxRate t then Ok t
  else if 2 ^ 32 - 1 - 1 <? v then Throw input_error
  else
    let old := m_maxRate t in
    let t := mkThrottle (is_root t) v (m_throttleList t) (m_slave_list t) (m_next_slave t)
               (m_unused_quota t) (m_time_last_tick t) (m_task_tick t) in
    let t := set_list t (set_chunk_sizes (m_throttleList t) (calculate_min_chunk_size t)
                           (calculate_max_chunk_size t)) in
    if negb (is_root t) then Ok t
    else if old =? 0 then enable now t
    else if m_maxRate t =? 0 then Ok (disable t)
    else Ok t.

(** ** The tree *)

Definition Throttle_tree_ind (P : Throttle -> Prop)
  (H : forall root rate own slaves next unused last task, Forall P slaves ->
         P (mkThrottle root rate own slaves next unused last task)) : forall t, P t :=
  fix F t := match t with
    | mkThrottle root rate own slaves next unused last task =>
        H root rate own slaves next unused last task
          ((fix G l := match l return Forall P l with
              | [] => Forall_nil_2 P
              | s :: l => Forall_cons_2 P s l (F s) (G l)
              end) slaves)
    end.

(** The quota held by a throttle and everything below it. *)
Fixpoint tree_total (t : Throttle) : Z :=
  m_unused_quota t + total (m_throttleList t) + foldr (fun s a => tree_total s + a) 0 (m_slave_list t).
Definition sum_total (l : list Throttle) : Z := foldr (fun s a => tree_total s + a) 0 l.

(** The bytes not yet reported to the parent, of the throttle and below. *)
Fixpoint load (t : Throttle) : Z :=
  m_rateAdded (m_throttleList t) + foldr (fun s a => load s + a) 0 (m_slave_list t).
Definition sum_load (l : list Throttle) : Z := foldr (fun s a => load s + a) 0 l.

Fixpoint tree_inv (t : Throttle) : Prop :=
  inv (m_throttleList t) /\ m_enabled (m_throttleList t) = true /\ 0 <= m_unused_quota t /\
  (m_next_slave t <= length (m_slave_list t))%nat /\ 0 <= m_rateAdded (m_throttleList t) /\
  foldr (fun s P => tree_inv s /\ P) True (m_slave_list t).

(** The rate counters can take what the slaves report at second [sec]. *)
Fixpoint rates_ok (sec : Z) (t : Throttle) : Prop :=
  load t <= 2 ^ 28 /\ Rate.accepts sec (load t) (m_rateSlow (m_throttleList t)) /\
  foldr (fun s P => rates_ok sec s /\ P) True (m_slave_list t).

Lemma foldr_all (P : Throttle -> Prop) l : foldr (fun s Q => P s /\ Q) True l <-> Forall P l.
Proof. induction l as [|s l IH]; simpl; [by rewrite Forall_nil|]. by rewrite Forall_cons, IH. Qed.

Lemma inv_total_nonneg l : inv l -> 0 <= total l.
Proof. intros [Hc _]. pose proof (core_bounds l Hc) as (? & ? & ? & _). unfold total. lia. Qed.

Lemma sum_total_nonneg l : Forall (fun s => 0 <= tree_total s) l -> 0 <= sum_total l.
Proof. induction 1; simpl in *; lia. Qed.

Lemma tree_total_nonneg t : tree_inv t -> 0 <= tree_total t.
Proof.
  induction t as [root rate own slaves next unused last task IH] using Throttle_tree_ind.
  cbn [tree_inv tree_total m_throttleList m_unused_quota m_slave_list m_next_slave].
  intros (Hi & _ & Hu & _ & _ & Hs). apply foldr_all in Hs. pose proof (inv_total_nonneg own Hi).
  assert (0 <= sum_total slaves); [|unfold sum_total in *; lia]. apply sum_total_nonneg.
  rewrite Forall_forall in *. auto.
Qed.

Lemma load_nonneg t : tree_inv t -> 0 <= load t.
Proof.
  induction t as [root rate own slaves next unused last task IH] using Throttle_tree_ind.
  cbn [tree_inv load m_throttleList m_unused_quota m_slave_list m_next_slave].
  intros (_ & _ & _ & _ & Ha & Hs). apply foldr_all in Hs.
  assert (0 <= foldr (fun s a => load s + a) 0 slaves); [|lia].
  clear Ha. induction slaves as [|s l IHl]; simpl; [done|]. apply Forall_cons in IH as [Hl IH].
  apply Forall_cons in Hs as [H1 H2]. specialize (Hl H1). specialize (IHl IH H2). lia.
Qed.

Lemma sum_load_nonneg l : Forall tree_inv l -> 0 <= sum_load l.
Proof. induction 1 as [|s l Hs Hl IH]; [done|]. apply load_nonneg in Hs. unfold sum_load in *. cbn [foldr]. lia. Qed.

Lemma with_rates_inv l added slow : inv l -> inv (with_rates l added slow).
Proof.
  intros (Hc & Hs). split; [|done]. apply (core_same l); try done.
  simpl. intros He. split; [done|by apply Hc].
Qed.

Lemma set_list_rates s added slow : tree_inv s -> 0 <= added ->
  tree_inv (set_list s (with_rates (m_throttleList s) added slow)) /\
  tree_total (set_list s (with_rates (m_throttleList s) added slow)) = tree_total s.
Proof.
  destruct s as [root rate own slaves next unused last task].
  cbn [tree_inv tree_total set_list m_throttleList m_unused_quota m_slave_list m_next_slave].
  intros (Hi & He & Hu & Hn & Ha & Hs) H0. split; [|done]. split; [by apply with_rates_inv|]. done.
Qed.

(** What [receive_quota] promises to the throttle above. *)
Definition conserves (sec fraction : Z) (t : Throttle) : Prop :=
  forall quota, tree_inv t -> rates_ok sec t -> 0 <= quota -> tree_total t + quota < 2 ^ 31 ->
  exists used t', receive_quota sec quota fraction t = Ok (used, t') /\ tree_inv t' /\
    tree_total t' = tree_total t + used /\ used <= quota /\ m_unused_quota t' <= quota /\
    0 <= m_rateAdded (m_throttleList t') <= load t /\
    Rate.accepts sec 0 (m_rateSlow (m_throttleList t')).

Lemma need_of_range quota fraction rate : 0 <= quota -> 0 <= need_of quota fraction rate <= quota.
Proof. unfold need_of. pose proof (u32_range (Z.shiftr (u64 (fraction * rate)) fraction_bits)). lia. Qed.

Lemma add_rate_ok sec own n added : inv own -> m_enabled own = true -> 0 <= m_rateAdded own ->
  Rate.accepts sec n (m_rateSlow own) -> 0 <= added <= n -> m_rateAdded own + n <= 2 ^ 28 ->
  exists own', add_rate sec own added = Ok own' /\ inv own' /\ m_enabled own' = true /\
    total own' = total own /\ m_rateAdded own' = m_rateAdded own + added /\
    Rate.accepts sec (n - added) (m_rateSlow own').
Proof.
  intros Hi He H0 Hacc Ha Hb. unfold add_rate.
  destruct (Rate.accepts_insert sec n (m_rateSlow own) added Hacc Ha ltac:(lia)) as (r & -> & Hr).
  res_simpl. eexists. split; [reflexivity|]. split; [by apply with_rates_inv|]. split; [done|].
  split; [done|]. split; [|done]. simpl. apply u32_small. lia.
Qed.

Lemma slave_loop_conserves sec quota fraction l : 0 <= quota -> Forall (conserves sec fraction) l ->
  forall skip unused own n,
  Forall tree_inv l -> Forall (rates_ok sec) l -> inv own -> m_enabled own = true ->
  0 <= unused -> unused + sum_total l < 2 ^ 31 -> 0 <= m_rateAdded own ->
  (skip <= length l)%nat -> Rate.accepts sec n (m_rateSlow own) -> sum_load l <= n ->
  m_rateAdded own + n <= 2 ^ 28 ->
  exists l2 i unused' own',
    slave_loop (fun need s => receive_quota sec need fraction s) sec quota fraction skip l unused own =
      Ok (l2, i, unused', own') /\
    Forall tree_inv l2 /\ length l2 = length l /\ (i <= length l)%nat /\ inv own' /\
    m_enabled own' = true /\ 0 <= unused' /\ total own' = total own /\
    unused' + sum_total l2 = unused + sum_total l /\
    m_rateAdded own <= m_rateAdded own' <= m_rateAdded own + sum_load l /\
    Rate.accepts sec 0 (m_rateSlow own').
Proof.
  intros Hq Hcons. induction Hcons as [|s l Hs Hcons IH]; intros skip unused own n Hinv Hrates Hi He Hu Hb Ha Hsk Hacc Hsum Hn.
  { simpl in *. exists [], O, unused, own. split_and!; try done; simpl; try lia.
    apply (Rate.accepts_le _ n); [done|lia]. }
  apply Forall_cons in Hinv as [Hsi Hinv]. apply Forall_cons in Hrates as [Hsr Hrates].
  pose proof (load_nonneg s Hsi) as Hl0. pose proof (sum_load_nonneg l Hinv) as Hl1.
  pose proof (tree_total_nonneg s Hsi) as Ht0.
  assert (Ht1 : 0 <= sum_total l).
  { apply sum_total_nonneg. eapply Forall_impl; [exact Hinv|]. apply tree_total_nonneg. }
  cbn [sum_total sum_load foldr] in Hb, Hsum. fold (sum_total l) in Hb. fold (sum_load l) in Hsum.
  destruct skip as [|skip]; cbn [slave_loop].
  - pose proof (need_of_range quota fraction (m_maxRate s) Hq) as Hneed. set (need := need_of _ _ _) in *.
    destruct (Z.ltb_spec unused need) as [Hlt|Hge].
    { exists (s :: l), O, unused, own. split; [done|]. split; [by constructor|]. cbn [sum_total sum_load foldr].
      fold (sum_load l). split_and!; try done; try lia. apply (Rate.accepts_le _ n); [done|lia]. }
    destruct (Hs need Hsi Hsr ltac:(lia) ltac:(lia)) as (used & s' & -> & Hi' & Ht' & Hle & _ & Hra & _).
    res_simpl. cbn [rate_added]. assert (Hmm := tree_total_nonneg s' Hi').
    rewrite u32_small by lia.
    destruct (add_rate_ok sec own n (m_rateAdded (m_throttleList s')) Hi He Ha Hacc ltac:(lia) Hn)
      as (own1 & -> & Hi1 & He1 & Htt1 & Hra1 & Hacc1). res_simpl.
    destruct (IH O (unused - used) own1 (n - m_rateAdded (m_throttleList s')))
      as (l2 & i & u' & own2 & -> & Hl2 & Hlen & Hii & Hi2 & He2 & Hu2 & Htt2 & Hsum2 & Hra2 & Hac2);
      [done|done|done|done|lia|lia|lia|lia|done|lia|lia|].
    res_simpl. destruct (set_list_rates s' 0 (m_rateSlow (m_throttleList s')) Hi' ltac:(lia)) as [Hs1 Hs2].
    do 4 eexists. split; [reflexivity|]. split; [by constructor|].
    cbn [sum_total sum_load foldr length]. fold (sum_total l2) (sum_total l) (sum_load l). rewrite Hs2.
    split_and!; try done; lia.
  - destruct (IH skip unused own n) as (l2 & i & u' & own2 & -> & Hl2 & Hlen & Hii & Hi2 & He2 & Hu2 & Htt2 & Hsum2 & Hra2 & Hac2);
      [done|done|done|done|done|lia|done|simpl in Hsk; lia|done|lia|lia|].
    res_simpl. do 4 eexists. split; [reflexivity|]. split; [by constructor|].
    cbn [sum_total sum_load foldr length]. fold (sum_total l2) (sum_total l) (sum_load l).
    split_and!; try done; lia.
Qed.

Lemma receive_quota_conserves sec fraction t : conserves sec fraction t.
Proof.
  induction t as [root rate own slaves next unused last task IH] using Throttle_tree_ind.
  intros quota Hinv Hrates Hq Hb.
  cbn [tree_inv m_throttleList m_unused_quota m_slave_list m_next_slave] in Hinv.
  destruct Hinv as (Hi & He & Hu & Hn & Ha & Hs). apply foldr_all in Hs.
  cbn [rates_ok load m_throttleList m_slave_list] in Hrates. fold (sum_load slaves) in Hrates.
  destruct Hrates as (Hl & Hacc & Hr). apply foldr_all in Hr.
  cbn [tree_total m_throttleList m_unused_quota m_slave_list] in Hb. fold (sum_total slaves) in Hb.
  pose proof (sum_load_nonneg slaves Hs) as Hl0. pose proof (inv_total_nonneg own Hi) as Ht0.
  assert (Ht1 : 0 <= sum_total slaves).
  { apply sum_total_nonneg. eapply Forall_impl; [exact Hs|]. apply tree_total_nonneg. }
  cbn [receive_quota]. rewrite (u32_small (unused + quota)) by lia.
  destruct (slave_loop_conserves sec quota fraction slaves Hq IH next (unused + quota) own (sum_load slaves))
    as (l2 & i & u' & own2 & -> & Hl2 & Hlen & Hii & Hi2 & He2 & Hu2 & Htt2 & Hsum2 & Hra2 & Hac2);
    [done|done|done|done|lia|lia|done|done| |lia|lia|].
  { apply (Rate.accepts_le _ _ _ _ Hacc). lia. }
  res_simpl. pose proof (need_of_range quota fraction rate Hq) as Hneed. set (need := need_of _ _ _) in *.
  assert (Ht2 : 0 <= sum_total l2).
  { apply sum_total_nonneg. eapply Forall_impl; [exact Hl2|]. apply tree_total_nonneg. }
  assert (Hown : exists own3 next3 u3,
    (if (i =? length l2)%nat && (need <=? u') then
       '(used, own) ← update_quota own2 need; Ok (own, O, u32 (u' - used))
     else Ok (own2, i, u')) = Ok (own3, next3, u3) /\
    inv own3 /\ frame own2 own3 /\ (next3 <= length l2)%nat /\ 0 <= u3 /\ u3 + total own3 = u' + total own2).
  { destruct ((i =? length l2)%nat && (need <=? u')) eqn:E.
    - apply andb_true_iff in E as [_ E]. apply Z.leb_le in E.
      destruct (update_inv own2 need Hi2) as (used & own3 & E3 & Hi3 & Ht3 & Hle3); [done|simpl; split_and!; (done || lia)|].
      pose proof (update_quota_frame _ _ _ _ E3) as Hf. rewrite E3. res_simpl.
      pose proof (inv_total_nonneg own3 Hi3). rewrite u32_small by lia.
      exists own3, O, (u' - used). split_and!; (done || apply Hf || lia).
    - exists own2, i, u'. split_and!; (done || lia). }
  destruct Hown as (own3 & next3 & u3 & -> & Hi3 & (Hf1 & Hf2 & Hf3) & Hn3 & Hu3 & Ht3). res_simpl.
  pose proof (inv_total_nonneg own3 Hi3) as Hp3. rewrite (s32_small quota) by lia.
  assert (Hpost : forall u4, 0 <= u4 -> tree_inv (mkThrottle root rate own3 l2 next3 u4 last task)).
  { intros u4 Hu4. cbn [tree_inv m_throttleList m_unused_quota m_slave_list m_next_slave].
    split_and!; [done|by rewrite Hf1|done|done|lia|by apply foldr_all]. }
  destruct (Z.ltb_spec quota u3).
  - rewrite s32_small by lia. do 2 eexists. split; [reflexivity|]. split; [by apply Hpost|].
    cbn [tree_total load m_throttleList m_unused_quota m_slave_list].
    fold (sum_total l2) (sum_total slaves) (sum_load slaves). rewrite Hf2, Hf3. split_and!; (done || lia).
  - do 2 eexists. split; [reflexivity|]. split; [by apply Hpost|].
    cbn [tree_total load m_throttleList m_unused_quota m_slave_list].
    fold (sum_total l2) (sum_total slaves) (sum_load slaves). rewrite Hf2, Hf3. split_and!; (done || lia).
Qed.

Lemma calculate_interval_range sec t : Rate.accepts sec 0 (m_rateSlow (m_throttleList t)) ->
  exists i slow, calculate_interval sec t =
    Ok (i, with_rates (m_throttleList t) (m_rateAdded (m_throttleList t)) slow) /\ 100000 <= i <= 1000000.
Proof.
  intros (_ & Hs & limit & hist & Hrep & _). unfold calculate_interval, Rate.rate.
  assert (Hsp : Rate.m_span (Rate.discard_old sec (m_rateSlow (m_throttleList t))) =
    Rate.m_span (m_rateSlow (m_throttleList t))) by (by rewrite (Rate.discard_old_filter _ _ _ _ Hrep)).
  rewrite Hsp, u64_small by lia. rewrite (proj2 (Z.eqb_neq _ 0)) by lia. res_simpl.
  cbv zeta. cbn [with_rates m_maxChunkSize]. set (rate := u32 _).
  destruct (Z.ltb_spec rate 1024); [do 2 eexists; split; [reflexivity|lia]|].
  set (x := u32 _ / rate).
  assert (0 <= x) by (apply Z.div_pos; [apply u32_range|lia]).
  destruct (Z.eqb_spec x 0); [do 2 eexists; split; [reflexivity|lia]|].
  destruct (Z.ltb_spec 10 x); do 2 eexists; (split; [reflexivity|lia]).
Qed.

Definition tick_quota (now : Z) (t : Throttle) : Z :=
  u32 (u64 (u64 (now - m_time_last_tick t) * m_maxRate t) / 1000000).

(** Where a wait of at most a second, rounded up to whole seconds, ends. *)
Lemma ceil_wait now i : 0 <= now -> 0 <= i <= 1000000 ->
  now + i <= SchedulerEntry.ceil_seconds (now + i) < now + 2000000 /\ SchedulerEntry.ceil_seconds (now + i) mod 1000000 = 0.
Proof.
  intros Hn Hi. unfold SchedulerEntry.ceil_seconds, SchedulerEntry.seconds. rewrite Z.quot_div_nonneg by lia.
  pose proof (Z.div_mod (now + i + 1 * 1000000 - 1) 1000000) as Hd.
  pose proof (Z.mod_pos_bound (now + i + 1 * 1000000 - 1) 1000000). split; [lia|]. apply Z_mod_mult.
Qed.

(** A tick while the next one is scheduled. *)
Lemma receive_quota_task sec quota fraction t used t' : receive_quota sec quota fraction t = Ok (used, t') ->
  m_task_tick t' = m_task_tick t.
Proof.
  destruct t as [root rate own slaves next unused last task]. cbn [receive_quota]. intros E. res_inv.
  repeat match goal with H : prod _ _ |- _ => destruct H end. cbn in *. res_inv.
  repeat match goal with H : prod _ _ |- _ => destruct H end. cbn in *. by destruct (quota <? _); simplify_eq.
Qed.


(** A root with a slave: one enabled list each, half a second since the last
    tick, a year after the clock began. *)
Definition a_year : Z := 31536000000000.
Definition sample_slave : Throttle := mkThrottle false 1024 sample_list [] 0 0 0 None.
Definition sample_root : Throttle := mkThrottle true 8192 sample_list [sample_slave] 0 100 a_year None.

Lemma sample_rate_accepts sec n : 0 <= sec < 2 ^ 31 -> 0 <= n <= 2 ^ 40 -> Rate.accepts sec n (Rate.new_rate 60).
Proof.
  intros Hs Hn. split; [lia|]. split; [simpl; lia|]. exists (sec - 100), []. split; [|simpl; split; [lia|unfold Rate.window; simpl; lia]].
  split; simpl; (done || constructor).
Qed.


End Throttle.
