(* ===== verification/Block.v ===== *)
(** * Blocks and their transfers (src/torrent/data/block.cc, block.h,
    block_transfer.h, block_failed.h)

    A block of a piece keeps the requests that peers were sent for it
    ([m_queued]) and the transfers that started ([m_transfers]), one of which,
    the leader, writes the data.  The transfers are shared with the peers'
    request lists, so they live in a store and are named by numbers.  The
    theorem is that a block's calls keep its invariant and reach none of its
    internal errors; the counterexample is the one case that does. *)

From S2P Require Import Prelude ProtocolBase.

Module BlockTransfer.

Inductive state_type := STATE_ERASED | STATE_QUEUED | STATE_LEADER | STATE_NOT_LEADER.

#[global] Instance state_type_eq_dec : EqDecision state_type.
Proof. solve_decision. Defined.

Definition invalid_index : Z := 2 ^ 32 - 1.

(** [m_block] is the address of the block: the piece's index and the position
    in its block list. *)
Record BlockTransfer := mkBlockTransfer {
  m_peer_info : option nat;
  m_block : option (Z * nat);
  m_piece : Piece.Piece;
  m_state : state_type;
  m_request_time : Z;
  m_position : Z;
  m_stall : Z;
  m_failedIndex : Z
}.

Definition is_valid (t : BlockTransfer) : bool := match m_block t with Some _ => true | None => false end.
Definition is_erased (t : BlockTransfer) : bool := bool_decide (m_state t = STATE_ERASED).
Definition is_queued (t : BlockTransfer) : bool := bool_decide (m_state t = STATE_QUEUED).
Definition is_leader (t : BlockTransfer) : bool := bool_decide (m_state t = STATE_LEADER).
Definition is_not_leader (t : BlockTransfer) : bool := bool_decide (m_state t = STATE_NOT_LEADER).
Definition is_finished (t : BlockTransfer) : bool := m_position t =? Piece.m_length (m_piece t).

Definition set_block (t : BlockTransfer) (b : option (Z * nat)) : BlockTransfer :=
  mkBlockTransfer (m_peer_info t) b (m_piece t) (m_state t) (m_request_time t) (m_position t) (m_stall t) (m_failedIndex t).
Definition set_state (t : BlockTransfer) (s : state_type) : BlockTransfer :=
  mkBlockTransfer (m_peer_info t) (m_block t) (m_piece t) s (m_request_time t) (m_position t) (m_stall t) (m_failedIndex t).
Definition set_position (t : BlockTransfer) (p : Z) : BlockTransfer :=
  mkBlockTransfer (m_peer_info t) (m_block t) (m_piece t) (m_state t) (m_request_time t) p (m_stall t) (m_failedIndex t).
Definition adjust_position (t : BlockTransfer) (p : Z) : BlockTransfer := set_position t (u32 (m_position t + p)).
Definition set_stall (t : BlockTransfer) (s : Z) : BlockTransfer :=
  mkBlockTransfer (m_peer_info t) (m_block t) (m_piece t) (m_state t) (m_request_time t) (m_position t) s (m_failedIndex t).
Definition set_failed_index (t : BlockTransfer) (i : Z) : BlockTransfer :=
  mkBlockTransfer (m_peer_info t) (m_block t) (m_piece t) (m_state t) (m_request_time t) (m_position t) (m_stall t) i.
Definition with_peer (t : BlockTransfer) (p : option nat) : BlockTransfer :=
  mkBlockTransfer p (m_block t) (m_piece t) (m_state t) (m_request_time t) (m_position t) (m_stall t) (m_failedIndex t).

(** ** The store: the transfers alive, the peers' transfer counters, the peers
    that have a connection, and the cancel messages asked of them. *)
Record Heap := mkHeap {
  transfers : gmap nat BlockTransfer;
  counter : gmap nat Z;
  connected : gset nat;
  next : nat;
  canceled : list nat
}.

Definition get (h : Heap) (k : nat) : res BlockTransfer := of_deref (transfers h !! k).
Definition with_transfers (h : Heap) (m : gmap nat BlockTransfer) : Heap :=
  mkHeap m (counter h) (connected h) (next h) (canceled h).
Definition put (h : Heap) (k : nat) (t : BlockTransfer) : Heap := with_transfers h (<[k := t]> (transfers h)).
Definition counter_of (h : Heap) (p : nat) : Z := default 0 (counter h !! p).
Definition set_counter (h : Heap) (p : nat) (c : Z) : Heap :=
  mkHeap (transfers h) (<[p := c]> (counter h)) (connected h) (next h) (canceled h).

Definition inc_transfer_counter (h : Heap) (p : nat) : res Heap :=
  _ ← throw_when (counter_of h p =? 2 ^ 32 - 1) internal_error;
  Ok (set_counter h p (counter_of h p + 1)).
Definition dec_transfer_counter (h : Heap) (p : nat) : res Heap :=
  _ ← throw_when (counter_of h p =? 0) internal_error;
  Ok (set_counter h p (counter_of h p - 1)).

Definition set_peer_info (h : Heap) (k : nat) (p : option nat) : res Heap :=
  t ← get h k;
  h ← match m_peer_info t with Some q => dec_transfer_counter h q | None => Ok h end;
  let h := put h k (with_peer t p) in
  match p with Some q => inc_transfer_counter h q | None => Ok h end.

(** [delete]; the destructor asserts that block and peer are null. *)
Definition delete_transfer (h : Heap) (k : nat) : res Heap :=
  t ← get h k;
  _ ← ub_when (is_valid t || match m_peer_info t with Some _ => true | None => false end);
  Ok (with_transfers h (delete k (transfers h))).

(** [new BlockTransfer], its fields set one by one by the caller. *)
Definition new_transfer (h : Heap) (t : BlockTransfer) : nat * Heap :=
  (next h, mkHeap (<[next h := with_peer t None]> (transfers h)) (counter h) (connected h) (S (next h)) (canceled h)).

End BlockTransfer.

(** ** The versions of a block whose hash failed (block_failed.h) *)
Module BlockFailed.

Definition invalid_index : Z := 2 ^ 32 - 1.

(** The data seen and how often, and the index of the version in the chunk. *)
Record BlockFailed := mkBlockFailed { entries : list (list Z * Z); m_current : Z }.

Definition new_failed : BlockFailed := mkBlockFailed [] invalid_index.
Definition set_current (f : BlockFailed) (i : Z) : BlockFailed := mkBlockFailed (entries f) i.

(** [std::max_element]: the first of the greatest; from a best candidate on. *)
Fixpoint max_from (best : nat) (bc : Z) (i : nat) (l : list (list Z * Z)) : nat :=
  match l with
  | [] => best
  | (_, c) :: l => if bc <? c then max_from i c (S i) l else max_from best bc (S i) l
  end.
(** The index, the length of the list standing for [end()]. *)
Definition max_element (f : BlockFailed) : nat :=
  match entries f with [] => O | (_, c) :: l => max_from 0 c 1 l end.
(** Over the reversed range: the last of the greatest; [None] is [rend()]. *)
Definition reverse_max_element (f : BlockFailed) : option nat :=
  match rev (entries f) with
  | [] => None
  | (_, c) :: l => Some (length (entries f) - 1 - max_from 0 c 1 l)%nat
  end.

End BlockFailed.

Module Block.
Import BlockTransfer.

Inductive block_state := STATE_INCOMPLETE | STATE_COMPLETED | STATE_INVALID.

#[global] Instance block_state_eq_dec : EqDecision block_state.
Proof. solve_decision. Defined.

Record Block := mkBlock {
  self : Z * nat;
  b_piece : Piece.Piece;
  b_state : block_state;
  m_notStalled : Z;
  m_queued : list nat;
  m_transfers : list nat;
  m_leader : option nat;
  m_failedList : option BlockFailed.BlockFailed
}.

Definition new_block (a : Z * nat) (p : Piece.Piece) : Block := mkBlock a p STATE_INCOMPLETE 0 [] [] None None.

Definition with_lists (b : Block) (q t : list nat) : Block :=
  mkBlock (self b) (b_piece b) (b_state b) (m_notStalled b) q t (m_leader b) (m_failedList b).
Definition with_leader (b : Block) (l : option nat) : Block :=
  mkBlock (self b) (b_piece b) (b_state b) (m_notStalled b) (m_queued b) (m_transfers b) l (m_failedList b).
Definition with_stalled (b : Block) (n : Z) : Block :=
  mkBlock (self b) (b_piece b) (b_state b) n (m_queued b) (m_transfers b) (m_leader b) (m_failedList b).
Definition with_state (b : Block) (s : block_state) : Block :=
  mkBlock (self b) (b_piece b) s (m_notStalled b) (m_queued b) (m_transfers b) (m_leader b) (m_failedList b).
Definition set_failed_list (b : Block) (f : option BlockFailed.BlockFailed) : Block :=
  mkBlock (self b) (b_piece b) (b_state b) (m_notStalled b) (m_queued b) (m_transfers b) (m_leader b) f.

Definition is_stalled (b : Block) : bool := m_notStalled b =? 0.
Definition size_all (b : Block) : Z := u32 (zlen (m_queued b) + zlen (m_transfers b)).

Definition is_finished (h : Heap) (b : Block) : res bool :=
  match m_leader b with
  | None => Ok false
  | Some k => t ← get h k; Ok (BlockTransfer.is_finished t)
  end.
Definition is_transfering (h : Heap) (b : Block) : res bool :=
  match m_leader b with
  | None => Ok false
  | Some k => t ← get h k; Ok (negb (BlockTransfer.is_finished t))
  end.

(** [std::find_if] over the peers of the transfers. *)
Fixpoint find_peer (h : Heap) (l : list nat) (p : nat) : res (option nat) :=
  match l with
  | [] => Ok None
  | k :: l => t ← get h k; if bool_decide (m_peer_info t = Some p) then Ok (Some k) else find_peer h l p
  end.
Definition find_queued (h : Heap) (b : Block) (p : nat) : res (option nat) := find_peer h (m_queued b) p.
Definition find_transfer (h : Heap) (b : Block) (p : nat) : res (option nat) := find_peer h (m_transfers b) p.

Definition insert (now : Z) (h : Heap) (b : Block) (p : nat) : res (option nat * Heap * Block) :=
  q ← find_queued h b p;
  t ← (match q with Some _ => Ok q | None => find_transfer h b p end);
  match t with
  | Some _ => Ok (None, h, b)
  | None =>
      let b := with_stalled b (u32 (m_notStalled b + 1)) in
      let '(k, h) := new_transfer h
        (mkBlockTransfer None (Some (self b)) (b_piece b) STATE_QUEUED (s32 now) 0 0 BlockFailed.invalid_index) in
      h ← set_peer_info h k (Some p);
      Ok (Some k, h, with_lists b (m_queued b ++ [k]) (m_transfers b))
  end.

Definition invalidate_transfer (h : Heap) (b : Block) (k : nat) : res (Heap * Block) :=
  _ ← throw_when (bool_decide (m_leader b = Some k)) internal_error;
  t ← get h k;
  let h := put h k (set_block t None) in
  b ← (if m_stall t =? 0 then
         _ ← throw_when (m_notStalled b =? 0) internal_error;
         Ok (with_stalled b (m_notStalled b - 1))
       else Ok b);
  match m_peer_info t with
  | None => h ← delete_transfer h k; Ok (h, b)
  | Some p =>
      if bool_decide (p ∈ connected h)
      then Ok (mkHeap (transfers h) (counter h) (connected h) (BlockTransfer.next h) (canceled h ++ [k]), b)
      else Ok (h, b)
  end.

Fixpoint invalidate_all (h : Heap) (b : Block) (l : list nat) : res (Heap * Block) :=
  match l with
  | [] => Ok (h, b)
  | k :: l => '(h, b) ← invalidate_transfer h b k; invalidate_all h b l
  end.

(** [std::stable_partition]: the elements that satisfy the test, and the rest. *)
Fixpoint partition_by (h : Heap) (f : BlockTransfer -> bool) (l : list nat) : res (list nat * list nat) :=
  match l with
  | [] => Ok ([], [])
  | k :: l =>
      t ← get h k;
      '(yes, no) ← partition_by h f l;
      Ok (if f t then (k :: yes, no) else (yes, k :: no))
  end.

Definition remove_erased_transfers (h : Heap) (b : Block) : res (Heap * Block) :=
  '(keep, gone) ← partition_by h (fun t => negb (is_erased t)) (m_transfers b);
  '(h, b) ← invalidate_all h b gone;
  Ok (h, with_lists b (m_queued b) keep).

Definition remove_non_leader_transfers (h : Heap) (b : Block) : res (Heap * Block) :=
  '(keep, gone) ← partition_by h is_leader (m_transfers b);
  '(h, b) ← invalidate_all h b gone;
  Ok (h, with_lists b (m_queued b) keep).

(** [std::find_if_not]: the prefix that satisfies the test, and the rest. *)
Fixpoint span_by (h : Heap) (f : BlockTransfer -> bool) (l : list nat) : res (list nat * list nat) :=
  match l with
  | [] => Ok ([], [])
  | k :: l' =>
      t ← get h k;
      if f t then '(pre, rest) ← span_by h f l'; Ok (k :: pre, rest) else Ok ([], l)
  end.

(** [std::max_element] by position: the first of the greatest. *)
Fixpoint max_position (h : Heap) (best : nat) (l : list nat) : res nat :=
  match l with
  | [] => Ok best
  | k :: l =>
      tb ← get h best; t ← get h k;
      if m_position tb <? m_position t then max_position h k l else max_position h best l
  end.

(** When the leader goes, the transfer that is furthest takes over. *)
Definition promote_leader (h : Heap) (b : Block) : res (Heap * Block) :=
  '(pre, rest) ← span_by h is_leader (m_transfers b);
  '(yes, no) ← partition_by h is_not_leader rest;
  let b := with_lists b (m_queued b) (pre ++ yes ++ no) in
  match yes with
  | k :: l =>
      k ← max_position h k l;
      t ← get h k;
      Ok (put h k (set_state t STATE_LEADER), with_leader b (Some k))
  | [] => remove_erased_transfers h (with_leader b None)
  end.

Definition erase (h : Heap) (b : Block) (k : nat) : res (Heap * Block) :=
  t ← get h k;
  _ ← throw_when (is_erased t) internal_error;
  _ ← throw_when (match m_peer_info t with Some _ => true | None => false end) internal_error;
  let b := with_stalled b (u32 (m_notStalled b - b2z (m_stall t =? 0))) in
  '(h, b) ←
    (if is_queued t then
       _ ← throw_when (bool_decide (k ∉ m_queued b)) internal_error;
       Ok (h, with_lists b (List.remove Nat.eq_dec k (m_queued b)) (m_transfers b))
     else if negb (BlockTransfer.is_finished t) then
       _ ← throw_when (bool_decide (k ∉ m_transfers b)) internal_error;
       let b := with_lists b (m_queued b) (List.remove Nat.eq_dec k (m_transfers b)) in
       if bool_decide (m_leader b = Some k) then
         _ ← throw_when (bool_decide (b_state b = STATE_COMPLETED)) internal_error;
         promote_leader h b
       else Ok (h, b)
     else Throw internal_error);
  t ← get h k;
  h ← delete_transfer (put h k (set_block t None)) k;
  Ok (h, b).

Definition transfering (h : Heap) (b : Block) (k : nat) : res (bool * Heap * Block) :=
  t ← get h k;
  _ ← throw_when (negb (is_valid t)) internal_error;
  _ ← throw_when (bool_decide (k ∉ m_queued b)) internal_error;
  let b := with_lists b (List.remove Nat.eq_dec k (m_queued b)) (m_transfers b ++ [k]) in
  match m_leader b with
  | Some _ => Ok (false, put h k (set_state t STATE_NOT_LEADER), b)
  | None => Ok (true, put h k (set_state t STATE_LEADER), with_leader b (Some k))
  end.

(** [completed], up to the notification of the parent ... *)
Definition completed_checks (h : Heap) (b : Block) (k : nat) : res unit :=
  t ← get h k;
  _ ← throw_when (negb (is_valid t)) internal_error;
  _ ← throw_when (negb (is_leader t)) internal_error;
  f ← is_finished h b;
  _ ← throw_when (negb f) internal_error;
  throw_when (negb (bool_decide (m_leader b = Some k))) internal_error.

(** ... and after it. *)
Definition completed_rest (h : Heap) (b : Block) (k : nat) : res (Heap * Block) :=
  t ← get h k;
  let b := with_stalled b (u32 (m_notStalled b - b2z (m_stall t =? 0))) in
  let h := put h k (set_stall (set_block t None) (2 ^ 32 - 1)) in
  '(h, b) ← invalidate_all h b (m_queued b);
  let b := with_lists b [] (m_transfers b) in
  '(h, b) ← remove_non_leader_transfers h b;
  _ ← throw_when (bool_decide (last (m_transfers b) <> Some k)) internal_error;
  Ok (h, with_state b STATE_COMPLETED).

Definition retry_transfer (b : Block) : Block := with_state b STATE_INCOMPLETE.

Definition transfer_dissimilar (h : Heap) (b : Block) (k : nat) : res (Heap * Block) :=
  t ← get h k;
  _ ← throw_when (negb (is_not_leader t) || bool_decide (m_leader b = Some k)) internal_error;
  let b := with_stalled b (u32 (m_notStalled b - b2z (m_stall t =? 0))) in
  Ok (put h k (set_block (set_position (set_state t STATE_ERASED) 0) None), b).

Definition stalled_transfer (h : Heap) (b : Block) (k : nat) : res (Heap * Block) :=
  t ← get h k;
  b ← (if m_stall t =? 0 then
         _ ← throw_when (m_notStalled b =? 0) internal_error;
         Ok (with_stalled b (m_notStalled b - 1))
       else Ok b);
  Ok (put h k (set_stall t (u32 (m_stall t + 1))), b).

Definition change_leader (h : Heap) (b : Block) (k : nat) : res (Heap * Block) :=
  _ ← throw_when (bool_decide (m_leader b = Some k)) internal_error;
  f ← is_finished h b;
  _ ← throw_when f internal_error;
  h ← match m_leader b with
      | Some l => t ← get h l; Ok (put h l (set_state t STATE_NOT_LEADER))
      | None => Ok h
      end;
  t ← get h k;
  Ok (put h k (set_state t STATE_LEADER), with_leader b (Some k)).

Definition failed_leader (h : Heap) (b : Block) : res Block :=
  f ← is_finished h b;
  _ ← throw_when (negb f) internal_error;
  let b := with_leader b None in
  Ok (set_failed_list b (match m_failedList b with
                         | Some l => Some (BlockFailed.set_current l BlockFailed.invalid_index)
                         | None => None end)).

(** The fields of a fresh transfer that belongs to no block. *)
Definition create_dummy (h : Heap) (p : nat) (piece : Piece.Piece) : res (nat * Heap) :=
  let '(k, h) := new_transfer h (mkBlockTransfer None None piece STATE_ERASED 0 0 0 invalid_index) in
  h ← set_peer_info h k (Some p);
  Ok (k, h).

(** [release] for a transfer of no block or of this one. *)
Definition release (h : Heap) (b : Block) (k : nat) : res (Heap * Block) :=
  h ← set_peer_info h k None;
  t ← get h k;
  match m_block t with
  | None => h ← delete_transfer h k; Ok (h, b)
  | Some a => _ ← ub_when (negb (bool_decide (a = self b))); erase h b k
  end.

(** The destructor; its assertions end the program. *)
Definition destroy (h : Heap) (b : Block) : res Heap :=
  _ ← ub_when (bool_decide (b_state b = STATE_INVALID));
  h ← (if bool_decide (b_state b = STATE_COMPLETED) then
         k ← of_deref (m_leader b); set_peer_info h k None
       else Ok h);
  let b := with_state (with_leader b None) STATE_INVALID in
  '(h, b) ← invalidate_all h b (m_queued b);
  '(h, b) ← invalidate_all h b (m_transfers b);
  _ ← ub_when (negb (m_notStalled b =? 0));
  Ok h.

(** ** The invariant

    What a transfer looks like by its place in the block, as predicates on the
    content of the store at its address. *)

Definition past (o : option BlockTransfer) : Prop :=
  exists t, o = Some t /\ m_state t = STATE_LEADER /\ m_block t = None /\ m_stall t = 2 ^ 32 - 1.
Definition waiting (a : Z * nat) (o : option BlockTransfer) : Prop :=
  exists t, o = Some t /\ m_state t = STATE_QUEUED /\ m_block t = Some a /\ BlockTransfer.is_finished t = false.
Definition leading (a : Z * nat) (o : option BlockTransfer) : Prop :=
  exists t, o = Some t /\ m_state t = STATE_LEADER /\ m_block t = Some a.
Definition following (a : Z * nat) (o : option BlockTransfer) : Prop :=
  exists t, o = Some t /\
    ((m_state t = STATE_NOT_LEADER /\ m_block t = Some a /\ BlockTransfer.is_finished t = false) \/
     (m_state t = STATE_ERASED /\ m_block t = None /\ m_stall t <> 0)).

Definition test (m : gmap nat BlockTransfer) (f : BlockTransfer -> bool) (k : nat) : bool :=
  match m !! k with Some t => f t | None => false end.
Definition stall0 (m : gmap nat BlockTransfer) : nat -> bool := test m (fun t => m_stall t =? 0).
Definition members (b : Block) : list nat := m_queued b ++ m_transfers b.

(** The finished leaders of earlier attempts come first; the rest follows the
    leader, and there is nothing else without a leader. *)
Definition shape (m : gmap nat BlockTransfer) (b : Block) (olds act : list nat) : Prop :=
  match m_leader b, b_state b with
  | None, STATE_INCOMPLETE => act = []
  | Some k, STATE_INCOMPLETE =>
      k ∈ act /\ leading (self b) (m !! k) /\ forall j, j ∈ act -> j <> k -> following (self b) (m !! j)
  | Some k, STATE_COMPLETED =>
      act = [] /\ m_queued b = [] /\ last olds = Some k /\
      exists t, m !! k = Some t /\ BlockTransfer.is_finished t = true
  | _, _ => False
  end.

Record wf (h : Heap) (b : Block) : Prop := {
  wf_nodup : NoDup (members b);
  wf_queued : Forall (fun k => waiting (self b) (transfers h !! k)) (m_queued b);
  wf_shape : exists olds act, m_transfers b = olds ++ act /\
    Forall (fun k => past (transfers h !! k)) olds /\ shape (transfers h) b olds act;
  wf_count : m_notStalled b = Z.of_nat (count (stall0 (transfers h)) (members b));
  wf_piece : Piece.m_length (b_piece b) <> 0;
  wf_width : m_notStalled b < 2 ^ 32
}.

Definition peer_count (m : gmap nat BlockTransfer) (p : nat) : nat :=
  size (filter (fun kt : nat * BlockTransfer => m_peer_info kt.2 = Some p) m).

Record heap_ok (h : Heap) : Prop := {
  heap_fresh : forall k, is_Some (transfers h !! k) -> (k < BlockTransfer.next h)%nat;
  heap_counter : forall p, counter_of h p = Z.of_nat (peer_count (transfers h) p)
}.

(** ** The store *)

Definition peer_is (t : BlockTransfer) (p : nat) : nat := if decide (m_peer_info t = Some p) then 1 else 0.

Lemma peer_count_new m k t p : m !! k = None ->
  peer_count (<[k := t]> m) p = (peer_count m p + peer_is t p)%nat.
Proof.
  intros Hk. unfold peer_count, peer_is. destruct (decide (m_peer_info t = Some p)).
  - rewrite map_filter_insert_True by done. rewrite map_size_insert_None; [lia|].
    apply map_lookup_filter_None. by left.
  - rewrite map_filter_insert_False by done. rewrite delete_id by done. lia.
Qed.

Lemma peer_count_delete m k t p : m !! k = Some t ->
  peer_count m p = (peer_count (delete k m) p + peer_is t p)%nat.
Proof.
  intros Hk. rewrite <- (peer_count_new (delete k m) k t p) by apply lookup_delete_eq.
  by rewrite insert_delete_id.
Qed.

Lemma peer_count_put m k t t' p : m !! k = Some t ->
  (peer_count (<[k := t']> m) p + peer_is t p = peer_count m p + peer_is t' p)%nat.
Proof.
  intros Hk. rewrite (peer_count_delete m k t p Hk), <- insert_delete_eq.
  rewrite peer_count_new by apply lookup_delete_eq. lia.
Qed.

Lemma put_same_peer h k t t' : heap_ok h -> transfers h !! k = Some t ->
  m_peer_info t' = m_peer_info t -> heap_ok (put h k t').
Proof.
  intros [Hf Hc] Hk Hp. split; simpl.
  - intros j Hj. apply Hf. destruct (decide (j = k)) as [->|]; [by eexists|by rewrite lookup_insert_ne in Hj].
  - intros p. pose proof (peer_count_put (transfers h) k t t' p Hk) as E. unfold peer_is in E.
    rewrite Hp in E. change (counter_of (put h k t') p) with (counter_of h p). rewrite Hc. lia.
Qed.

Lemma counter_set h p q c : counter_of (set_counter h p c) q = if decide (p = q) then c else counter_of h q.
Proof.
  unfold counter_of, set_counter. simpl. destruct (decide (p = q)) as [->|];
    [by rewrite lookup_insert_eq|by rewrite lookup_insert_ne].
Qed.

(** Taking the peer away from a transfer. *)
Lemma set_peer_none h k t : heap_ok h -> transfers h !! k = Some t ->
  exists h', set_peer_info h k None = Ok h' /\ heap_ok h' /\
    transfers h' = <[k := with_peer t None]> (transfers h) /\ connected h' = connected h /\
    canceled h' = canceled h /\ BlockTransfer.next h' = BlockTransfer.next h.
Proof.
  intros Hok Hk. unfold set_peer_info, get. rewrite Hk. res_simpl.
  destruct (m_peer_info t) as [q|] eqn:Eq.
  - unfold dec_transfer_counter. pose proof (heap_counter h Hok q) as Hc.
    pose proof (peer_count_delete (transfers h) k t q Hk) as Hd. unfold peer_is in Hd.
    rewrite decide_True in Hd by done.
    rewrite (proj2 (Z.eqb_neq (counter_of h q) 0)) by lia. res_simpl. eexists. split; [reflexivity|].
    split_and!; try done. destruct Hok as [Hf Hcn]. split; cbn [put with_transfers set_counter transfers BlockTransfer.next].
    + intros j Hj. apply Hf. destruct (decide (j = k)) as [->|]; [by eexists|by rewrite lookup_insert_ne in Hj].
    + intros p. change (counter_of (put (set_counter h q (counter_of h q - 1)) k (with_peer t None)) p)
        with (counter_of (set_counter h q (counter_of h q - 1)) p). rewrite counter_set.
      pose proof (peer_count_put (transfers h) k t (with_peer t None) p Hk) as E. unfold peer_is in E. cbn [with_peer m_peer_info] in E.
      rewrite (decide_False (P := None = Some p)) in E by done. rewrite Eq in E.
      destruct (decide (q = p)) as [->|Hne]; [rewrite decide_True in E by done; lia|].
      rewrite decide_False in E by congruence. rewrite Hcn. lia.
  - res_simpl. eexists. split; [reflexivity|]. split_and!; try done.
    apply (put_same_peer h k t); [done|done|]. by rewrite Eq.
Qed.

Lemma delete_ok h k t : heap_ok h -> transfers h !! k = Some t -> m_block t = None -> m_peer_info t = None ->
  exists h', delete_transfer h k = Ok h' /\ heap_ok h' /\ transfers h' = delete k (transfers h).
Proof.
  intros [Hf Hc] Hk Hb Hp. unfold delete_transfer, get, is_valid. rewrite Hk. res_simpl. rewrite Hb, Hp. res_simpl.
  eexists. split; [reflexivity|]. split; [|done]. split; simpl.
  - intros j [x Hj]. apply Hf. apply lookup_delete_Some in Hj as [_ ?]. by eexists.
  - intros p. change (counter_of (with_transfers h _) p) with (counter_of h p). rewrite Hc.
    rewrite (peer_count_delete (transfers h) k t p Hk). unfold peer_is. rewrite Hp, decide_False by done. lia.
Qed.

(** ** Lists of transfers *)

Lemma frame_Forall (P : option BlockTransfer -> Prop) (m m' : gmap nat BlockTransfer) l :
  (forall k, k ∈ l -> m' !! k = m !! k) -> Forall (fun k => P (m !! k)) l -> Forall (fun k => P (m' !! k)) l.
Proof. rewrite !Forall_forall. intros He H k Hk. rewrite He by done. by apply H. Qed.

Lemma frame_count (m m' : gmap nat BlockTransfer) l :
  (forall k, k ∈ l -> m' !! k = m !! k) -> count (stall0 m') l = count (stall0 m) l.
Proof. intros He. apply count_ext, Forall_forall. intros k Hk. unfold stall0, test. by rewrite He. Qed.

Lemma frame_insert (m : gmap nat BlockTransfer) k t (l : list nat) : k ∉ l -> forall j, j ∈ l -> <[k := t]> m !! j = m !! j.
Proof. intros Hk j Hj. rewrite lookup_insert_ne; [done|]. by intros ->. Qed.

Lemma count_put (m : gmap nat BlockTransfer) k t t' l : m !! k = Some t -> NoDup l -> k ∈ l ->
  (count (stall0 (<[k := t']> m)) l + Nat.b2n (m_stall t =? 0)%Z =
   count (stall0 m) l + Nat.b2n (m_stall t' =? 0)%Z)%nat.
Proof.
  intros Hk Hn Hl. rewrite !(count_remove_nat _ l k Hn Hl).
  rewrite (frame_count m (<[k := t']> m)) by (apply frame_insert; rewrite elem_of_remove; tauto).
  unfold stall0, test. rewrite lookup_insert_eq, Hk. lia.
Qed.

Lemma count_stall0_in (m : gmap nat BlockTransfer) k t l : m !! k = Some t -> k ∈ l ->
  m_stall t = 0 -> (1 <= count (stall0 m) l)%nat.
Proof.
  intros Hk Hl Hs. apply list_elem_of_split in Hl as (l1 & l2 & ->).
  rewrite count_app, count_cons. unfold stall0 at 2, test. rewrite Hk, Hs. simpl. lia.
Qed.

Lemma partition_by_ok h f l : Forall (fun k => is_Some (transfers h !! k)) l ->
  partition_by h f l = Ok (List.filter (test (transfers h) f) l,
                           List.filter (fun k => negb (test (transfers h) f k)) l).
Proof.
  induction 1 as [|k l [t Hk] Hl IH]; [done|]. simpl. unfold get. rewrite Hk. res_simpl. rewrite IH. res_simpl.
  assert (test (transfers h) f k = f t) as -> by (unfold test; by rewrite Hk). by destruct (f t).
Qed.

Lemma invalidate_one h b k t : heap_ok h -> transfers h !! k = Some t -> m_leader b <> Some k ->
  (m_stall t = 0 -> m_notStalled b <> 0) ->
  exists h', invalidate_transfer h b k =
      Ok (h', with_stalled b (m_notStalled b - Z.of_nat (Nat.b2n (m_stall t =? 0)))) /\
    heap_ok h' /\ forall j, j <> k -> transfers h' !! j = transfers h !! j.
Proof.
  intros Hok Hk Hl Hs. unfold invalidate_transfer, get. rewrite bool_decide_eq_false_2 by done. res_simpl.
  rewrite Hk. res_simpl. set (h1 := put h k (set_block t None)).
  assert (Hok1 : heap_ok h1) by (by apply (put_same_peer h k t)).
  assert (Hk1 : transfers h1 !! k = Some (set_block t None)) by (simpl; by rewrite lookup_insert_eq).
  assert ((if m_stall t =? 0
    then _ ← throw_when (m_notStalled b =? 0) internal_error; Ok (with_stalled b (m_notStalled b - 1))
    else Ok b) = Ok (with_stalled b (m_notStalled b - Z.of_nat (Nat.b2n (m_stall t =? 0))))) as ->.
  { destruct (Z.eqb_spec (m_stall t) 0) as [E|E].
    - rewrite (proj2 (Z.eqb_neq (m_notStalled b) 0)) by auto. done.
    - simpl. rewrite Z.sub_0_r. by destruct b. }
  res_simpl. destruct (m_peer_info t) as [p|] eqn:Ep.
  - assert (Hfr : forall j, j <> k -> transfers h1 !! j = transfers h !! j)
      by (intros j Hj; simpl; by rewrite lookup_insert_ne).
    destruct (bool_decide (p ∈ connected h1)); eexists; (split; [reflexivity|]); split_and!; try done.
    by destruct Hok1.
  - destruct (delete_ok h1 k (set_block t None) Hok1 Hk1 eq_refl Ep) as (h2 & -> & Hok2 & E2). res_simpl.
    eexists. split; [reflexivity|]. split; [done|]. intros j Hj. rewrite E2, lookup_delete_ne by done.
    simpl. by rewrite lookup_insert_ne.
Qed.

Lemma invalidate_all_ok l : forall h b, heap_ok h -> NoDup l ->
  Forall (fun k => is_Some (transfers h !! k)) l -> (forall k, m_leader b = Some k -> k ∉ l) ->
  Z.of_nat (count (stall0 (transfers h)) l) <= m_notStalled b ->
  exists h', invalidate_all h b l =
      Ok (h', with_stalled b (m_notStalled b - Z.of_nat (count (stall0 (transfers h)) l))) /\
    heap_ok h' /\ forall j, j ∉ l -> transfers h' !! j = transfers h !! j.
Proof.
  induction l as [|k l IH]; intros h b Hok Hn Hs Hl Hc.
  { exists h. rewrite count_nil, Z.sub_0_r. by destruct b. }
  apply NoDup_cons in Hn as [Hkl Hn]. apply Forall_cons in Hs as [[t Hk] Hs]. cbn [invalidate_all].
  rewrite count_cons in *. assert (Ek : stall0 (transfers h) k = (m_stall t =? 0)) by (unfold stall0, test; by rewrite Hk).
  rewrite Ek in *.
  destruct (invalidate_one h b k t Hok Hk) as (h1 & -> & Hok1 & Hf1).
  { intros E. apply (Hl k E). left. }
  { intros E. rewrite E in Hc. simpl in Hc. lia. }
  res_simpl. assert (Hfl : forall j, j ∈ l -> transfers h1 !! j = transfers h !! j).
  { intros j Hj. apply Hf1. by intros ->. }
  set (b1 := with_stalled b _).
  assert (Hcl : count (stall0 (transfers h1)) l = count (stall0 (transfers h)) l) by (by apply frame_count).
  destruct (IH h1 b1 Hok1 Hn) as (h2 & -> & Hok2 & Hf2).
  { by apply (frame_Forall is_Some (transfers h)). }
  { intros j Hj Hin. apply (Hl j Hj). by right. }
  { rewrite Hcl. unfold b1. simpl. destruct (m_stall t =? 0); simpl in *; lia. }
  exists h2. rewrite Hcl. split; [|split; [done|]].
  - f_equal. f_equal. unfold b1, with_stalled. simpl. f_equal. destruct (m_stall t =? 0); simpl; lia.
  - intros j Hj. apply not_elem_of_cons in Hj as [? ?]. rewrite Hf2, Hf1 by done. done.
Qed.

(** ** Each call keeps the invariant *)

Definition inv (h : Heap) (b : Block) : Prop := heap_ok h /\ wf h b.

Lemma shape_frame m m' b b' olds act : shape m b olds act ->
  (forall j, j ∈ olds ++ act -> m' !! j = m !! j) -> m_leader b' = m_leader b -> b_state b' = b_state b ->
  self b' = self b -> (b_state b = STATE_COMPLETED -> m_queued b' = m_queued b) -> shape m' b' olds act.
Proof.
  unfold shape. intros H Hm El Es Ea Eq. rewrite El, Es, Ea.
  destruct (m_leader b) as [k|], (b_state b); try done.
  - destruct H as (Hk & Hl & Hf). split; [done|]. split.
    + rewrite Hm; [done|]. apply elem_of_app. by right.
    + intros j Hj Hne. rewrite Hm; [by apply Hf|]. apply elem_of_app. by right.
  - destruct H as (Ha & Hq & Hlast & Hfin). rewrite Eq by done. split_and!; try done.
    rewrite Hm; [done|]. apply elem_of_app. left. apply last_Some in Hlast as [l' ->].
    apply elem_of_app. right. by apply list_elem_of_singleton.
Qed.

Lemma transfers_known h b : wf h b -> Forall (fun k => is_Some (transfers h !! k)) (m_transfers b).
Proof.
  intros [_ _ (olds & act & -> & Ho & Hs) _ _ _]. apply Forall_app. split.
  - eapply Forall_impl; [exact Ho|]. intros k (t & -> & _). by eexists.
  - apply Forall_forall. intros j Hj. unfold shape in Hs. destruct (m_leader b) as [k|], (b_state b); try done.
    + destruct Hs as (_ & (t & Ht & _) & Hf). destruct (decide (j = k)) as [->|Hne]; [rewrite Ht; by eexists|].
      destruct (Hf j Hj Hne) as (u & -> & _). by eexists.
    + destruct Hs as [-> _]. by apply elem_of_nil in Hj.
    + subst. by apply elem_of_nil in Hj.
Qed.

Lemma queued_known h b : wf h b -> Forall (fun k => is_Some (transfers h !! k)) (m_queued b).
Proof. intros [_ Hq _ _ _ _]. eapply Forall_impl; [exact Hq|]. intros k (t & -> & _). by eexists. Qed.

Lemma members_known h b k : wf h b -> k ∈ members b -> is_Some (transfers h !! k).
Proof.
  intros Hw [Hk|Hk]%elem_of_app.
  - pose proof (queued_known h b Hw) as H. rewrite Forall_forall in H. by apply H.
  - pose proof (transfers_known h b Hw) as H. rewrite Forall_forall in H. by apply H.
Qed.

Lemma find_peer_ok h l p : Forall (fun k => is_Some (transfers h !! k)) l -> exists o, find_peer h l p = Ok o.
Proof.
  induction 1 as [|k l [t Hk] Hl IH]; simpl; [by eexists|]. unfold get. rewrite Hk. res_simpl.
  destruct (bool_decide _); [by eexists|done].
Qed.

(** A fresh transfer for a peer. *)
Lemma new_transfer_ok h t p : heap_ok h -> counter_of h p < 2 ^ 32 - 1 ->
  exists h', (let '(k, h1) := new_transfer h t in set_peer_info h1 k (Some p)) = Ok h' /\ heap_ok h' /\
    transfers h' = <[BlockTransfer.next h := with_peer t (Some p)]> (transfers h).
Proof.
  intros [Hf Hc] Hp. unfold new_transfer, set_peer_info, get. cbn [transfers]. rewrite lookup_insert_eq. res_simpl.
  cbn [with_peer m_peer_info]. unfold inc_transfer_counter. res_simpl. set (h1 := put _ _ _).
  assert (Hc1 : forall q, counter_of h1 q = counter_of h q) by done.
  rewrite (proj2 (Z.eqb_neq _ _)) by (rewrite Hc1; lia). res_simpl. eexists. split; [reflexivity|].
  assert (Hm : transfers (set_counter h1 p (counter_of h1 p + 1)) =
    <[BlockTransfer.next h := with_peer t (Some p)]> (transfers h)).
  { simpl. by rewrite insert_insert_eq. }
  assert (Hfr : transfers h !! BlockTransfer.next h = None).
  { destruct (transfers h !! BlockTransfer.next h) eqn:E; [|done]. pose proof (Hf (BlockTransfer.next h)) as Hlt.
    rewrite E in Hlt. specialize (Hlt ltac:(by eexists)). lia. }
  split; [|done]. split; rewrite Hm; clear Hm.
  - intros j Hj. simpl. destruct (decide (j = BlockTransfer.next h)) as [->|]; [lia|].
    rewrite lookup_insert_ne in Hj by done. specialize (Hf j Hj). lia.
  - intros q. rewrite counter_set, peer_count_new by done. unfold peer_is. simpl. rewrite !Hc1, !Hc.
    destruct (decide (p = q)) as [->|]; [rewrite decide_True by done; lia|].
    rewrite decide_False by congruence. lia.
Qed.

Lemma block_insert_inv now h b p : inv h b -> is_finished h b = Ok false -> counter_of h p < 2 ^ 32 - 1 ->
  zlen (members b) < 2 ^ 32 - 1 ->
  exists o h' b', insert now h b p = Ok (o, h', b') /\ inv h' b'.
Proof.
  intros [Hok Hw] Hfin Hp Hlen. unfold insert, find_queued, find_transfer.
  destruct (find_peer_ok h (m_queued b) p (queued_known h b Hw)) as [q ->]. res_simpl.
  destruct (find_peer_ok h (m_transfers b) p (transfers_known h b Hw)) as [o Ho].
  destruct q as [q|]; [by do 3 eexists|]. rewrite Ho. res_simpl. destruct o as [o|]; [by do 3 eexists|].
  set (t := mkBlockTransfer _ _ _ _ _ _ _ _). set (b1 := with_stalled b _).
  destruct (new_transfer_ok h t p Hok Hp) as (h' & E & Hok' & Hm). cbn [new_transfer] in *. rewrite E. res_simpl.
  do 3 eexists. split; [reflexivity|]. split; [done|]. set (k := BlockTransfer.next h) in *.
  assert (Hk : k ∉ members b).
  { intros Hin. pose proof (heap_fresh h Hok k (members_known h b k Hw Hin)). unfold k in *. lia. }
  assert (Hfr : forall j, j ∈ members b -> transfers h' !! j = transfers h !! j)
    by (rewrite Hm; by apply frame_insert).
  pose proof (count_le (stall0 (transfers h)) (members b)) as Hcl. unfold zlen in Hlen.
  destruct Hw as [Hn Hq (olds & act & ET & Ho' & Hs) Hc Hpc Hwd]. rewrite Forall_forall in Hq. unfold members in *.
  split; cbn [with_lists b1 with_stalled m_queued m_transfers self b_piece m_notStalled]; try done.
  - unfold members. simpl. rewrite <- app_assoc. apply NoDup_app in Hn as (Hn1 & Hn2 & Hn3).
    rewrite not_elem_of_app in Hk. apply NoDup_app. split; [done|]. split.
    + intros j Hj [->|?]%elem_of_cons; [tauto|]. by apply (Hn2 j).
    + apply NoDup_cons. tauto.
  - apply Forall_app. split.
    + apply Forall_forall. intros j Hj. rewrite Hfr by (apply elem_of_app; by left). by apply Hq.
    + constructor; [|constructor]. rewrite Hm, lookup_insert_eq. eexists. split; [reflexivity|]. simpl.
      split_and!; try done. unfold BlockTransfer.is_finished. cbn [t with_peer m_position m_piece with_stalled b_piece].
      apply Z.eqb_neq. lia.
  - exists olds, act. split; [done|]. split.
    + apply (frame_Forall past (transfers h)); [|done]. intros j Hj. apply Hfr. rewrite ET, !elem_of_app. tauto.
    + apply (shape_frame (transfers h) _ b); try done.
      * intros j Hj. apply Hfr. rewrite ET, elem_of_app. by right.
      * intros Es. exfalso. unfold shape, is_finished, get in Hs, Hfin. destruct (m_leader b) as [l|]; rewrite Es in Hs; [|done].
        destruct Hs as (_ & _ & _ & u & Hu & Hf). rewrite Hu in Hfin. simpl in Hfin. congruence.
  - unfold members. simpl. rewrite <- app_assoc. simpl. rewrite count_app, count_cons.
    assert (stall0 (transfers h') k = true) as ->
      by (unfold stall0, test; rewrite Hm, lookup_insert_eq; done).
    rewrite (frame_count (transfers h) (transfers h') (m_queued b)) by (intros j Hj; apply Hfr, elem_of_app; by left).
    rewrite (frame_count (transfers h) (transfers h') (m_transfers b)) by (intros j Hj; apply Hfr, elem_of_app; by right).
    rewrite count_app in Hc, Hcl. rewrite u32_small by lia. lia.
  - apply u32_range.
Qed.

(** The invariant looks at the members only. *)
Lemma wf_frame h h' b : wf h b -> (forall j, j ∈ members b -> transfers h' !! j = transfers h !! j) -> wf h' b.
Proof.
  intros [Hn Hq (olds & act & E & Ho & Hs) Hc Hpc Hwd] Hf. unfold members in *.
  assert (HfT : forall j, j ∈ olds ++ act -> transfers h' !! j = transfers h !! j)
    by (intros j Hj; apply Hf, elem_of_app; right; by rewrite E).
  split; try done.
  - apply (frame_Forall (waiting (self b)) (transfers h)); [|done]. intros j Hj. apply Hf, elem_of_app. by left.
  - exists olds, act. split; [done|]. split; [|by apply (shape_frame (transfers h) _ b)].
    apply (frame_Forall past (transfers h)); [|done]. intros j Hj. apply HfT, elem_of_app. by left.
  - rewrite Hc. unfold members. by rewrite (frame_count (transfers h) (transfers h')).
Qed.

(** Writing one transfer of the block, the lists as they are. *)
Lemma put_wf h h' b k t t' b' : wf h b -> transfers h !! k = Some t -> k ∈ members b ->
  transfers h' = <[k := t']> (transfers h) -> m_queued b' = m_queued b -> m_transfers b' = m_transfers b ->
  self b' = self b -> b_piece b' = b_piece b ->
  m_notStalled b' = m_notStalled b - b2z (m_stall t =? 0) + b2z (m_stall t' =? 0) ->
  (m_stall t' = 0 -> m_stall t = 0) ->
  (k ∈ m_queued b -> waiting (self b) (Some t')) ->
  (forall olds act, m_transfers b = olds ++ act ->
    Forall (fun k => past (transfers h !! k)) olds -> shape (transfers h) b olds act ->
    (k ∈ olds -> False) /\ shape (<[k := t']> (transfers h)) b' olds act) ->
  wf h' b'.
Proof.
  intros Hw Hk Hin Em Eq ET Es Epc En Hss HQ HT.
  destruct Hw as [Hn Hq (olds & act & E & Ho & Hs) Hc Hpc Hwd]. destruct (HT olds act E Ho Hs) as [Hno Hs'].
  split; rewrite ?Em; unfold members; rewrite ?Eq, ?ET, ?Es, ?Epc; try done.
  - rewrite Forall_forall in *. intros j Hj. destruct (decide (j = k)) as [->|].
    + rewrite lookup_insert_eq. auto.
    + rewrite lookup_insert_ne by done. auto.
  - exists olds, act. split; [done|]. split; [|done]. apply (frame_Forall past (transfers h)); [|done].
    by apply frame_insert.
  - rewrite En, Hc. pose proof (count_put (transfers h) k t t' (members b) Hk Hn Hin) as E2. unfold members in *.
    unfold b2z. destruct (m_stall t =? 0), (m_stall t' =? 0); simpl in *; lia.
  - rewrite En. unfold b2z. destruct (Z.eqb_spec (m_stall t) 0), (Z.eqb_spec (m_stall t') 0); lia.
Qed.

(** Where a transfer with this block can be. *)
Lemma valid_place h b k t : wf h b -> transfers h !! k = Some t -> m_block t <> None -> k ∈ members b ->
  b_state b = STATE_INCOMPLETE /\ m_block t = Some (self b) /\
  ((k ∈ m_queued b /\ (k ∉ m_transfers b) /\ m_state t = STATE_QUEUED /\ BlockTransfer.is_finished t = false) \/
   (k ∈ m_transfers b /\ (k ∉ m_queued b) /\
    ((m_leader b = Some k /\ m_state t = STATE_LEADER) \/
     (m_leader b <> Some k /\ m_state t = STATE_NOT_LEADER /\ BlockTransfer.is_finished t = false)))).
Proof.
  intros [Hn Hq (olds & act & ET & Ho & Hs) Hc _ _] Hk Hb Hin. unfold members in *.
  apply NoDup_app in Hn as (Hn1 & Hn2 & Hn3). apply elem_of_app in Hin as [Hin|Hin].
  - rewrite Forall_forall in Hq. destruct (Hq k Hin) as (u & Hu & H1 & H2 & H3). rewrite Hk in Hu. simplify_eq.
    unfold shape in Hs. split_and!; [|done|].
    + destruct (m_leader b), (b_state b); try done. destruct Hs as (_ & E & _). rewrite E in Hin. by apply elem_of_nil in Hin.
    + left. split_and!; try done. by apply Hn2.
  - pose proof Hin as Hin2. rewrite ET in Hin. rewrite Forall_forall in Ho.
    assert (Hact : k ∈ act).
    { apply elem_of_app in Hin as [Hin|Hin]; [|done]. destruct (Ho k Hin) as (u & Hu & _ & ? & _). congruence. }
    assert (HkQ : k ∉ m_queued b) by (intros Hx; by apply (Hn2 k)).
    unfold shape in Hs. destruct (m_leader b) as [l|], (b_state b); try done.
    + destruct Hs as (_ & (u & Hu & H1 & H2) & Hf). split; [done|]. destruct (decide (k = l)) as [->|Hne].
      * rewrite Hk in Hu. simplify_eq. split; [done|]. right. split_and!; try done. by left.
      * destruct (Hf k Hact Hne) as (v & Hv & [(H3 & H4 & H5)|(_ & H4 & _)]); rewrite Hk in Hv; simplify_eq.
        split; [done|]. right. split_and!; try done. right. split_and!; (done || congruence).
    + destruct Hs as (-> & _). by apply elem_of_nil in Hact.
    + subst. by apply elem_of_nil in Hact.
Qed.

(** A write that keeps state, block and peer of a transfer of the block. *)
Lemma update_valid_wf h h' b k t t' : wf h b -> transfers h !! k = Some t -> m_block t <> None -> k ∈ members b ->
  transfers h' = <[k := t']> (transfers h) -> m_state t' = m_state t -> m_block t' = m_block t ->
  (m_stall t' = 0 -> m_stall t = 0) ->
  (m_leader b <> Some k -> BlockTransfer.is_finished t' = false) ->
  wf h' (with_stalled b (m_notStalled b - b2z (m_stall t =? 0) + b2z (m_stall t' =? 0))).
Proof.
  intros Hw Hk Hb Hin Em Hs Hbk Hss Hf.
  destruct (valid_place h b k t Hw Hk Hb Hin) as (Ei & Eb & Hpl).
  assert (Hnl : forall j, m_leader b = Some j -> j ∈ m_queued b -> False).
  { intros j Hj Hjq. pose proof (wf_queued h b Hw) as HQ. rewrite Forall_forall in HQ.
    destruct (HQ j Hjq) as (u & Hu & Hx & _ & _). destruct (wf_shape h b Hw) as (olds & act & _ & _ & Hsh).
    unfold shape in Hsh. rewrite Hj, Ei in Hsh. destruct Hsh as (_ & (v & Hv & ? & _) & _). congruence. }
  apply (put_wf h h' b k t t'); try done.
  - intros HkQ. exists t'. split; [done|]. rewrite Hs, Hbk, Eb.
    destruct Hpl as [(_ & _ & -> & _)|(_ & ? & _)]; [|done]. split_and!; try done. apply Hf. intros E. by apply (Hnl k).
  - intros olds act ET Ho Hsh. split.
    { intros Hx. rewrite Forall_forall in Ho. destruct (Ho k Hx) as (u & Hu & _ & ? & _). congruence. }
    unfold shape in *. cbn [with_stalled m_leader b_state self m_queued]. destruct (m_leader b) as [l|] eqn:El; rewrite Ei in *.
    + destruct Hsh as (H1 & H2 & H3). split; [done|]. split.
      * destruct (decide (k = l)) as [->|Hne]; [|by rewrite lookup_insert_ne]. rewrite lookup_insert_eq.
        destruct H2 as (u & Hu & ? & ?). rewrite Hk in Hu. simplify_eq. exists t'. by rewrite Hs, Hbk.
      * intros j Hj Hne. destruct (decide (k = j)) as [->|Hnk]; [|rewrite lookup_insert_ne by done; by apply H3].
        rewrite lookup_insert_eq. exists t'. split; [done|]. left. rewrite Hs, Hbk, Eb.
        destruct (H3 j Hj Hne) as (u & Hu & [(? & ? & _)|(_ & ? & _)]); rewrite Hk in Hu; simplify_eq.
        split_and!; try done. apply Hf. congruence.
    + done.
Qed.

Lemma stalled_inv h b k t : inv h b -> transfers h !! k = Some t -> m_block t <> None -> k ∈ members b ->
  0 <= m_stall t < 2 ^ 32 - 1 ->
  exists h' b', stalled_transfer h b k = Ok (h', b') /\ inv h' b'.
Proof.
  intros Hi Hk Hb Hin Hs. unfold stalled_transfer, get. rewrite Hk. res_simpl.
  set (h' := put h k _).
  assert (Hupd := update_valid_wf h h' b k t _ (proj2 Hi) Hk Hb Hin eq_refl eq_refl eq_refl).
  specialize (Hupd ltac:(cbn [m_stall set_stall]; rewrite u32_small; lia)).
  assert (Hok' : heap_ok h') by (by apply (put_same_peer h k t); [apply Hi| |]).
  cbn [m_stall set_stall] in Hupd. rewrite u32_small in Hupd by lia.
  rewrite (proj2 (Z.eqb_neq (m_stall t + 1) 0)) in Hupd by lia. destruct Hi as [Hok Hw].
  assert (Hf : m_leader b <> Some k -> BlockTransfer.is_finished t = false).
  { destruct (valid_place h b k t Hw Hk Hb Hin) as (_ & _ & [(_ & _ & _ & ?)|(_ & _ & [[? _]|(_ & _ & ?)])]); done. }
  specialize (Hupd Hf). destruct (Z.eqb_spec (m_stall t) 0) as [E|E].
  - pose proof (count_stall0_in (transfers h) k t (members b) Hk Hin E) as Hc. rewrite (proj2 (Z.eqb_neq (m_notStalled b) 0))
      by (rewrite (wf_count h b Hw); lia).
    res_simpl. do 2 eexists. split; [reflexivity|]. split; [done|]. simpl in Hupd. by rewrite Z.add_0_r in Hupd.
  - res_simpl. do 2 eexists. split; [reflexivity|]. split; [done|]. simpl in Hupd.
    rewrite Z.sub_0_r, Z.add_0_r in Hupd. by destruct b.
Qed.

Lemma download_inv h b k t n : inv h b -> transfers h !! k = Some t -> m_block t <> None -> k ∈ members b ->
  (m_leader b <> Some k -> BlockTransfer.is_finished (adjust_position t n) = false) ->
  inv (put h k (adjust_position t n)) b.
Proof.
  intros [Hok Hw] Hk Hb Hin Hf. split; [by apply (put_same_peer h k t)|].
  pose proof (update_valid_wf h (put h k (adjust_position t n)) b k t (adjust_position t n) Hw Hk Hb Hin eq_refl eq_refl eq_refl (fun x => x) Hf) as H.
  change (m_stall (adjust_position t n)) with (m_stall t) in H.
  replace (m_notStalled b - b2z (m_stall t =? 0) + b2z (m_stall t =? 0)) with (m_notStalled b) in H by lia.
  by destruct b.
Qed.

Lemma dissimilar_inv h b k t : inv h b -> transfers h !! k = Some t -> k ∈ members b ->
  m_state t = STATE_NOT_LEADER -> m_block t <> None -> m_stall t <> 0 ->
  exists h' b', transfer_dissimilar h b k = Ok (h', b') /\ inv h' b'.
Proof.
  intros [Hok Hw] Hk Hin Hst Hb Hs. pose proof (wf_count h b Hw) as Hn0. pose proof (wf_width h b Hw) as Hn1. unfold transfer_dissimilar, get, is_not_leader. rewrite Hk. res_simpl.
  destruct (valid_place h b k t Hw Hk Hb Hin) as (Ei & Eb & [(_ & _ & ? & _)|(HT & HQ & [[_ ?]|(Hnl & _ & Hnf)])]);
    [congruence|congruence|].
  rewrite Hst, !bool_decide_eq_true_2, bool_decide_eq_false_2 by done. res_simpl.
  do 2 eexists. split; [reflexivity|]. split; [by apply (put_same_peer h k t)|].
  eapply (put_wf h _ b k t); try done; cbn [m_stall set_block set_position set_state with_stalled m_notStalled].
  - rewrite (proj2 (Z.eqb_neq (m_stall t) 0)) by done. simpl. rewrite u32_small; lia.
  - intros olds act ET Ho Hsh. split.
    { intros Hx. rewrite Forall_forall in Ho. destruct (Ho k Hx) as (u & Hu & _ & ? & _). congruence. }
    unfold shape in *. cbn [with_stalled m_leader b_state self m_queued]. rewrite Ei in *.
    destruct (m_leader b) as [l|]; [|done]. destruct Hsh as (H1 & H2 & H3). split; [done|].
    split; [rewrite lookup_insert_ne by congruence; done|]. intros j Hj Hne.
    destruct (decide (k = j)) as [->|Hnk]; [|rewrite lookup_insert_ne by done; by apply H3].
    rewrite lookup_insert_eq. eexists. split; [reflexivity|]. by right.
Qed.

Lemma transfering_inv h b k : inv h b -> k ∈ m_queued b ->
  exists r h' b', transfering h b k = Ok (r, h', b') /\ inv h' b'.
Proof.
  intros [Hok Hw] HQ. pose proof (wf_queued h b Hw) as HW. rewrite Forall_forall in HW.
  destruct (HW k HQ) as (t & Hk & Hst & Hb & Hnf). assert (Hin : k ∈ members b) by (apply elem_of_app; by left).
  destruct (valid_place h b k t Hw Hk ltac:(congruence) Hin) as (Ei & _ & [(_ & HT & _ & _)|(_ & ? & _)]); [|done].
  unfold transfering, get, is_valid. rewrite Hk. res_simpl. rewrite Hb. cbn [negb]. res_simpl.
  rewrite bool_decide_eq_false_2 by (intros Hx; by apply Hx). res_simpl.
  cbn [m_leader with_lists].
  set (s := match m_leader b with Some _ => STATE_NOT_LEADER | None => STATE_LEADER end).
  set (b1 := with_lists b _ _). set (b' := match m_leader b with Some _ => b1 | None => with_leader b1 (Some k) end).
  assert (Hgo : inv (put h k (set_state t s)) b').
  2: { unfold s, b' in Hgo. destruct (m_leader b); do 3 eexists; (split; [reflexivity|done]). }
  assert (EQ : m_queued b' = List.remove Nat.eq_dec k (m_queued b)) by (unfold b'; by destruct (m_leader b)).
  assert (ET' : m_transfers b' = m_transfers b ++ [k]) by (unfold b'; by destruct (m_leader b)).
  assert (En : m_notStalled b' = m_notStalled b) by (unfold b'; by destruct (m_leader b)).
  assert (Es : self b' = self b) by (unfold b'; by destruct (m_leader b)).
  assert (Ep : b_piece b' = b_piece b) by (unfold b'; by destruct (m_leader b)).
  split; [by apply (put_same_peer h k t)|].
  destruct Hw as [Hn Hq (olds & act & ET & Ho & Hs) Hc Hpc Hwd]. unfold members in *.
  apply NoDup_app in Hn as (Hn1 & Hn2 & Hn3).
  split; unfold members; rewrite ?EQ, ?ET', ?En, ?Es, ?Ep; cbn [put with_transfers transfers]; try done.
  - apply NoDup_app. split; [by apply NoDup_remove_nat|]. split.
    + intros j Hj. apply elem_of_remove in Hj as [Hj Hne]. rewrite elem_of_app, list_elem_of_singleton.
      intros [?|?]; [by apply (Hn2 j)|done].
    + apply NoDup_app. split; [done|]. split; [|apply NoDup_singleton]. intros j Hj ->%list_elem_of_singleton. done.
  - apply Forall_forall. intros j Hj. apply elem_of_remove in Hj as [Hj Hne]. rewrite lookup_insert_ne by done. by apply HW.
  - exists olds, (act ++ [k]). rewrite ET, app_assoc. split; [done|].
    rewrite ET in HT. apply not_elem_of_app in HT as [HT1 HT2]. split.
    { apply (frame_Forall past (transfers h)); [|done]. by apply frame_insert. }
    unfold shape in *. rewrite Es. unfold b', s. destruct (m_leader b) as [l|] eqn:El; cbn [with_leader with_lists b1 m_leader b_state m_queued];
      rewrite ?El, Ei in *.
    + destruct Hs as (H1 & H2 & H3). split; [apply elem_of_app; by left|].
      split; [rewrite lookup_insert_ne by (intros ->; done); done|]. intros j Hj Hne.
      apply elem_of_app in Hj as [Hj|Hj].
      * rewrite lookup_insert_ne by (by intros ->). by apply H3.
      * apply list_elem_of_singleton in Hj as ->. rewrite lookup_insert_eq. eexists. split; [reflexivity|]. by left.
    + subst act. split; [by apply list_elem_of_singleton|]. split.
      * rewrite lookup_insert_eq. by eexists.
      * intros j Hj%list_elem_of_singleton Hne. done.
  - rewrite Hc, app_assoc, !count_app, (count_remove_nat _ (m_queued b) k Hn1 HQ), count_cons, count_nil.
    assert (Hex : forall l, count (stall0 (<[k:=set_state t s]> (transfers h))) l = count (stall0 (transfers h)) l).
    { intros l. apply count_ext, Forall_forall. intros j _. unfold stall0, test.
      destruct (decide (k = j)) as [->|]; [by rewrite lookup_insert_eq, Hk|by rewrite lookup_insert_ne]. }
    assert (Hx : stall0 (<[k:=set_state t s]> (transfers h)) k = stall0 (transfers h) k)
      by (unfold stall0, test; by rewrite lookup_insert_eq, Hk).
    rewrite !Hex, Hx. destruct (stall0 (transfers h) k); simpl; lia.
Qed.

Lemma change_leader_inv h b k t l : inv h b -> transfers h !! k = Some t -> k ∈ members b ->
  m_state t = STATE_NOT_LEADER -> m_block t <> None -> m_leader b = Some l -> is_finished h b = Ok false ->
  exists h' b', change_leader h b k = Ok (h', b') /\ inv h' b'.
Proof.
  intros [Hok Hw] Hk Hin Hst Hb El Hfin.
  destruct (valid_place h b k t Hw Hk Hb Hin) as (Ei & Eb & [(_ & _ & ? & _)|(HT & HQ & [[_ ?]|(Hnl & _ & Hnf)])]);
    [congruence|congruence|].
  unfold change_leader. rewrite bool_decide_eq_false_2 by done. res_simpl. rewrite Hfin. res_simpl. rewrite El.
  destruct Hw as [Hn Hq (olds & act & ET & Ho & Hs) Hc Hpc Hwd].
  pose proof Hs as Hs0. unfold shape in Hs0. rewrite El, Ei in Hs0. destruct Hs0 as (H1 & (u & Hu & Hus & Hub) & H3).
  assert (Hne : k <> l) by congruence.
  unfold get. rewrite Hu. res_simpl. cbn [put with_transfers transfers]. rewrite lookup_insert_ne by done. rewrite Hk. res_simpl.
  do 2 eexists. split; [reflexivity|]. set (h1 := put h l (set_state u STATE_NOT_LEADER)).
  assert (Hok1 : heap_ok h1) by (by apply (put_same_peer h l u)).
  assert (Hk1 : transfers h1 !! k = Some t) by (simpl; by rewrite lookup_insert_ne).
  split; [by apply (put_same_peer h1 k t)|].
  assert (HkT : k ∈ act).
  { rewrite ET in HT. apply elem_of_app in HT as [HT|HT]; [|done]. rewrite Forall_forall in Ho.
    destruct (Ho k HT) as (v & Hv & _ & ? & _). congruence. }
  assert (Hfin2 : BlockTransfer.is_finished u = false).
  { unfold is_finished, get in Hfin. rewrite El, Hu in Hfin. simpl in Hfin. congruence. }
  unfold members in Hn. assert (Hn' := Hn). apply NoDup_app in Hn' as (_ & Hn2 & Hn3). rewrite ET in Hn3.
  apply NoDup_app in Hn3 as (_ & Hn4 & _).
  assert (Hlo : l ∉ olds) by (intros Hx; by apply (Hn4 l)). assert (Hko : k ∉ olds) by (intros Hx; by apply (Hn4 k)).
  assert (HlQ : l ∉ m_queued b).
  { intros Hx. apply (Hn2 l); [done|]. rewrite ET. apply elem_of_app. by right. }
  split; unfold members; cbn [with_leader m_queued m_transfers self b_piece m_notStalled h1 put with_transfers transfers]; try done.
  - apply (frame_Forall (waiting (self b)) (transfers h)); [|done]. intros j Hj.
    rewrite !lookup_insert_ne; [done|by intros ->|by intros ->].
  - exists olds, act. split; [done|]. split.
    + apply (frame_Forall past (transfers h)); [|done]. intros j Hj.
      rewrite !lookup_insert_ne; [done|by intros ->|by intros ->].
    + unfold shape. cbn [with_leader m_leader b_state self m_queued]. rewrite Ei. split; [done|]. split.
      * rewrite lookup_insert_eq. by eexists.
      * intros j Hj Hjk. rewrite lookup_insert_ne by done. destruct (decide (l = j)) as [->|Hjl].
        -- rewrite lookup_insert_eq. eexists. split; [reflexivity|]. by left.
        -- rewrite lookup_insert_ne by done. apply H3; [done|congruence].
  - rewrite Hc. f_equal. apply count_ext, Forall_forall. intros j _. unfold stall0, test.
    destruct (decide (k = j)) as [->|]; [by rewrite lookup_insert_eq, Hk|]. rewrite lookup_insert_ne by done.
    destruct (decide (l = j)) as [->|]; [by rewrite lookup_insert_eq, Hu|by rewrite lookup_insert_ne].
Qed.

Lemma failed_inv h b : inv h b -> b_state b = STATE_COMPLETED ->
  exists b', failed_leader h b = Ok b' /\ inv h (retry_transfer b').
Proof.
  intros [Hok Hw] Es. destruct Hw as [Hn Hq (olds & act & ET & Ho & Hs) Hc Hpc Hwd].
  unfold shape in Hs. rewrite Es in Hs. destruct (m_leader b) as [l|] eqn:El; [|done].
  destruct Hs as (-> & EQ & Hl & t & Ht & Hf). unfold failed_leader, is_finished, get. rewrite El, Ht. res_simpl.
  rewrite Hf. res_simpl. eexists. split; [reflexivity|]. split; [done|]. split; try done.
  exists olds, []. by split.
Qed.

Lemma filter_one (f : nat -> bool) l k : NoDup l -> k ∈ l -> f k = true ->
  (forall j, j ∈ l -> j <> k -> f j = false) -> List.filter f l = [k].
Proof.
  induction 1 as [|j l Hj Hn IH]; intros Hk Hf Ho; [by apply elem_of_nil in Hk|]. simpl.
  destruct (decide (j = k)) as [->|Hne].
  - rewrite Hf. f_equal. clear IH Hk. induction l as [|i l IHl]; [done|]. simpl.
    apply not_elem_of_cons in Hj as [Hki Hkl]. rewrite Ho; [|right; left|congruence].
    apply NoDup_cons in Hn as [_ Hn]. apply IHl; [done|done|]. intros x Hx. apply Ho.
    apply elem_of_cons in Hx as [->|Hx]; [left|by right; right].
  - apply elem_of_cons in Hk as [?|Hk]; [done|]. rewrite Ho; [|left|done]. apply IH; [done|done|].
    intros x Hx. apply Ho. by right.
Qed.

Lemma filter_all {A} (f : A -> bool) l : Forall (fun x => f x = true) l -> List.filter f l = l.
Proof. induction 1 as [|x l Hx Hl IH]; [done|]. simpl. by rewrite Hx, IH. Qed.
Lemma filter_none {A} (f : A -> bool) l : Forall (fun x => f x = false) l -> List.filter f l = [].
Proof. induction 1 as [|x l Hx Hl IH]; [done|]. simpl. by rewrite Hx, IH. Qed.

Lemma past_count m l : Forall (fun k => past (m !! k)) l -> count (stall0 m) l = 0%nat.
Proof.
  intros H. apply count_zero. eapply Forall_impl; [exact H|]. intros k (t & Hk & _ & _ & Hs).
  unfold stall0, test. by rewrite Hk, Hs.
Qed.

Lemma count_filter_negb {A} (f g : A -> bool) l :
  count f l = (count f (List.filter g l) + count f (List.filter (fun x => negb (g x)) l))%nat.
Proof. induction l as [|x l IH]; [done|]. simpl. destruct (g x); simpl; rewrite !count_cons; lia. Qed.

Lemma NoDup_filter_bool {A} (f : A -> bool) l : NoDup l -> NoDup (List.filter f l).
Proof.
  induction 1 as [|x l Hx Hn IH]; simpl; [constructor|]. destruct (f x); [|done]. constructor; [|done].
  intros Hin. apply Hx, list_elem_of_In. apply list_elem_of_In, List.filter_In in Hin. tauto.
Qed.

Lemma elem_of_filter_bool {A} (f : A -> bool) l x : x ∈ List.filter f l <-> x ∈ l /\ f x = true.
Proof. rewrite !list_elem_of_In. apply List.filter_In. Qed.

(** Everything the leader [k] leaves behind when it completes. *)
Definition others (k : nat) (act : list nat) : list nat :=
  List.filter (fun j => negb (bool_decide (j = k))) act.

Lemma elem_of_others k act j : j ∈ others k act <-> j ∈ act /\ j <> k.
Proof.
  unfold others. rewrite elem_of_filter_bool, negb_true_iff, bool_decide_eq_false. tauto.
Qed.

Lemma count_others f k act : NoDup act -> k ∈ act ->
  count f act = (Nat.b2n (f k) + count f (others k act))%nat.
Proof.
  intros Hn Hk. rewrite (count_filter_negb f (fun j => bool_decide (j = k)) act).
  rewrite (filter_one _ act k Hn Hk) by (intros; by case_bool_decide).
  rewrite count_cons, count_nil. unfold others. destruct (f k); simpl; lia.
Qed.

Lemma remove_non_leader_ok h b olds act k a : heap_ok h -> m_transfers b = olds ++ act -> NoDup act -> k ∈ act ->
  Forall (fun j => past (transfers h !! j)) olds -> test (transfers h) is_leader k = true ->
  (forall j, j ∈ act -> j <> k -> following a (transfers h !! j)) -> m_leader b = Some k ->
  Z.of_nat (count (stall0 (transfers h)) (others k act)) <= m_notStalled b ->
  exists h', remove_non_leader_transfers h b =
      Ok (h', with_lists (with_stalled b (m_notStalled b - Z.of_nat (count (stall0 (transfers h)) (others k act))))
                (m_queued b) (olds ++ [k])) /\
    heap_ok h' /\ forall j, j ∉ others k act -> transfers h' !! j = transfers h !! j.
Proof.
  intros Hok ET Hna Hk Ho Htk Hact El Hc. unfold remove_non_leader_transfers. rewrite ET, partition_by_ok.
  2: { apply Forall_app. split.
       - eapply Forall_impl; [exact Ho|]. intros j (u & -> & _). by eexists.
       - apply Forall_forall. intros j Hj. destruct (decide (j = k)) as [->|Hne].
         + unfold test in Htk. destruct (transfers h !! k); [by eexists|done].
         + destruct (Hact j Hj Hne) as (u & -> & _). by eexists. }
  assert (Hto : Forall (fun j => test (transfers h) is_leader j = true) olds).
  { eapply Forall_impl; [exact Ho|]. intros j (u & Hu & Hx & _). unfold test, is_leader. rewrite Hu, Hx. done. }
  assert (Hta : forall j, j ∈ act -> j <> k -> test (transfers h) is_leader j = false).
  { intros j Hj Hne. destruct (Hact j Hj Hne) as (u & Hu & [(Hx & _)|(Hx & _)]); unfold test, is_leader; by rewrite Hu, Hx. }
  rewrite !List.filter_app, (filter_all _ olds Hto), (filter_one _ act k Hna Hk Htk Hta).
  rewrite (filter_none (fun j => negb _) olds) by (eapply Forall_impl; [exact Hto|]; simpl; by intros j ->).
  assert (List.filter (fun j => negb (test (transfers h) is_leader j)) act = others k act) as ->.
  { apply List.filter_ext_in. intros j Hj%list_elem_of_In. destruct (decide (j = k)) as [->|Hne].
    - rewrite Htk, bool_decide_eq_true_2; done.
    - rewrite Hta, bool_decide_eq_false_2; done. }
  cbn [app]. res_simpl.
  destruct (invalidate_all_ok (others k act) h b Hok) as (h' & -> & Hok' & Hfr).
  { by apply NoDup_filter_bool. }
  { apply Forall_forall. intros j Hj. apply elem_of_others in Hj as [Hj Hne].
    destruct (Hact j Hj Hne) as (u & -> & _). by eexists. }
  { intros j Hj Hjg. rewrite El in Hj. simplify_eq. by apply elem_of_others in Hjg as [_ ?]. }
  { done. }
  res_simpl. eexists. split; [reflexivity|]. by split.
Qed.

(** The parts of a block whose leader is [k]. *)
Lemma led_parts h b k : wf h b -> m_leader b = Some k -> b_state b = STATE_INCOMPLETE ->
  exists olds act t, m_transfers b = olds ++ act /\ Forall (fun j => past (transfers h !! j)) olds /\
    k ∈ act /\ NoDup olds /\ NoDup act /\ (forall j, j ∈ olds -> j ∉ act) /\
    (forall j, j ∈ olds ++ act -> j ∉ m_queued b) /\ NoDup (m_queued b) /\
    transfers h !! k = Some t /\ m_state t = STATE_LEADER /\ m_block t = Some (self b) /\
    (forall j, j ∈ act -> j <> k -> following (self b) (transfers h !! j)) /\
    m_notStalled b = Z.of_nat (count (stall0 (transfers h)) (m_queued b)) +
      Z.of_nat (Nat.b2n (m_stall t =? 0)) + Z.of_nat (count (stall0 (transfers h)) (others k act)).
Proof.
  intros [Hn Hq (olds & act & ET & Ho & Hs) Hc Hpc Hwd] El Ei.
  unfold shape in Hs. rewrite El, Ei in Hs. destruct Hs as (H1 & (t & Hk & Hst & Hb) & H3).
  unfold members in *. apply NoDup_app in Hn as (HnQ & HnQT & HnT). rewrite ET in HnT, HnQT.
  apply NoDup_app in HnT as (Hno & Hnoa & Hna). exists olds, act, t. split_and!; try done.
  - intros j Hj Hx. by apply (HnQT j).
  - rewrite Hc, ET, !count_app, (past_count _ olds Ho), (count_others _ k act Hna H1).
    assert (stall0 (transfers h) k = (m_stall t =? 0)) as -> by (unfold stall0, test; by rewrite Hk). lia.
Qed.

Lemma completed_inv h b k : inv h b -> m_leader b = Some k -> b_state b = STATE_INCOMPLETE ->
  is_finished h b = Ok true ->
  completed_checks h b k = Ok tt /\ exists h' b', completed_rest h b k = Ok (h', b') /\ inv h' b' /\
    b_state b' = STATE_COMPLETED.
Proof.
  intros [Hok Hw] El Ei Hfin.
  destruct (led_parts h b k Hw El Ei) as (olds & act & t & ET & Ho & H1 & Hno & Hna & Hnoa & HTQ & HnQ & Hk & Hst & Hb & H3 & Hc).
  pose proof (queued_known h b Hw) as HQs. pose proof (wf_width h b Hw) as Hwd. pose proof (wf_piece h b Hw) as Hpc.
  split.
  { unfold completed_checks, get, is_valid, is_leader. rewrite Hk. res_simpl. rewrite Hb, Hst, Hfin, El. res_simpl.
    rewrite !bool_decide_eq_true_2 by done. done. }
  assert (Hf : BlockTransfer.is_finished t = true).
  { unfold is_finished, get in Hfin. rewrite El, Hk in Hfin. simpl in Hfin. congruence. }
  assert (HkT : k ∈ olds ++ act) by (apply elem_of_app; by right). assert (HkQ := HTQ k HkT).
  unfold completed_rest, get. rewrite Hk. res_simpl.
  set (t1 := set_stall (set_block t None) (2 ^ 32 - 1)). set (h1 := put h k t1).
  assert (Hok1 : heap_ok h1) by (by apply (put_same_peer h k t)).
  set (b1 := with_stalled b _).
  assert (Hn1 : m_notStalled b1 = Z.of_nat (count (stall0 (transfers h)) (m_queued b)) +
    Z.of_nat (count (stall0 (transfers h)) (others k act))).
  { unfold b1. cbn [with_stalled m_notStalled]. unfold b2z. rewrite Hc in *.
    destruct (m_stall t =? 0); simpl in *; rewrite u32_small; lia. }
  pose proof (frame_count (transfers h) (transfers h1) (m_queued b) (frame_insert _ k t1 _ HkQ)) as HcQ.
  destruct (invalidate_all_ok (m_queued b) h1 b1 Hok1 HnQ) as (h2 & E2 & Hok2 & Hfr2).
  { by apply (frame_Forall is_Some (transfers h)); [apply frame_insert|]. }
  { intros j Hj. unfold b1 in Hj. cbn [with_stalled m_leader] in Hj. congruence. }
  { rewrite HcQ, Hn1. lia. }
  rewrite HcQ in E2. change (m_queued b1) with (m_queued b). rewrite E2. res_simpl. clear E2.
  assert (Hfr : forall j, j ∈ olds ++ act -> j <> k -> transfers h2 !! j = transfers h !! j).
  { intros j Hj Hne. rewrite Hfr2 by auto. simpl. by rewrite lookup_insert_ne. }
  assert (Hk2 : transfers h2 !! k = Some t1) by (rewrite Hfr2 by done; simpl; by rewrite lookup_insert_eq).
  assert (Hcg : count (stall0 (transfers h2)) (others k act) = count (stall0 (transfers h)) (others k act)).
  { apply frame_count. intros j [? ?]%elem_of_others. apply Hfr; [apply elem_of_app; by right|done]. }
  assert (Holds : Forall (fun j => past (transfers h2 !! j)) olds).
  { apply (frame_Forall past (transfers h)); [|done]. intros j Hj. apply Hfr; [apply elem_of_app; by left|].
    intros ->. by apply (Hnoa k). }
  match goal with |- context [remove_non_leader_transfers h2 ?b2] => set (b2' := b2) end.
  destruct (remove_non_leader_ok h2 b2' olds act k (self b) Hok2 ET Hna H1 Holds) as (h3 & -> & Hok3 & Hfr3).
  { unfold test, is_leader. rewrite Hk2. simpl. by rewrite Hst. }
  { intros j Hj Hne. rewrite Hfr; [by apply H3|apply elem_of_app; by right|done]. }
  { done. }
  { rewrite Hcg. unfold b2'. cbn [with_lists with_stalled m_notStalled]. rewrite Hn1. lia. }
  res_simpl. cbn [with_lists with_stalled m_transfers m_queued]. rewrite last_snoc.
  rewrite bool_decide_eq_false_2 by (intros Hx; by apply Hx). res_simpl.
  do 2 eexists. split; [reflexivity|]. split; [|done]. split; [done|].
  assert (Hk3 : transfers h3 !! k = Some t1) by (rewrite Hfr3; [done|rewrite elem_of_others; tauto]).
  assert (Hol3 : Forall (fun j => past (transfers h3 !! j)) (olds ++ [k])).
  { apply Forall_app. split.
    - apply (frame_Forall past (transfers h2)); [|done]. intros j Hj. apply Hfr3. rewrite elem_of_others.
      intros [Hx _]. by apply (Hnoa j).
    - constructor; [|constructor]. rewrite Hk3. by exists t1. }
  split; unfold members; cbn [with_state with_lists with_stalled m_queued m_transfers self b_piece m_notStalled b2' app]; try done.
  - apply NoDup_app. split; [done|]. split; [|apply NoDup_singleton]. intros j Hj ->%list_elem_of_singleton. by apply (Hnoa k).
  - exists (olds ++ [k]), []. rewrite app_nil_r. split; [done|]. split; [done|].
    unfold shape. cbn [with_state with_lists with_stalled m_leader b_state m_queued b2' b1]. rewrite El.
    split; [done|]. split; [done|]. split; [apply last_snoc|]. by exists t1.
  - rewrite (past_count _ _ Hol3), Hcg, Hn1. lia.
  - rewrite Hcg, Hn1. lia.
Qed.

(** ** What a completed block leaves behind *)

Lemma invalidate_frame h b k t h' b' : invalidate_transfer h b k = Ok (h', b') -> transfers h !! k = Some t ->
  (forall j, j <> k -> transfers h' !! j = transfers h !! j) /\
  (m_peer_info t <> None -> transfers h' !! k = Some (set_block t None)) /\
  self b' = self b /\ m_queued b' = m_queued b /\ m_transfers b' = m_transfers b.
Proof.
  unfold invalidate_transfer, get. intros E Hk. apply bind_ok in E as (? & _ & E). rewrite Hk in E. res_simpl.
  apply bind_ok in E as (b1 & E1 & E).
  assert (Eb : self b1 = self b /\ m_queued b1 = m_queued b /\ m_transfers b1 = m_transfers b) by (destruct (m_stall t =? 0); by res_inv).
  destruct (m_peer_info t) as [p|].
  - assert (Eh : transfers h' = <[k := set_block t None]> (transfers h) /\ b' = b1) by (destruct (bool_decide _); by res_inv).
    destruct Eh as [-> ->]. split; [intros j Hj; by rewrite lookup_insert_ne|]. split; [by rewrite lookup_insert_eq|done].
  - apply bind_ok in E as (h1 & E2 & E). unfold delete_transfer, get in E2. cbn [put with_transfers transfers] in E2.
    rewrite lookup_insert_eq in E2. res_inv. split; [|done]. intros j Hj. cbn. by rewrite lookup_delete_ne, lookup_insert_ne.
Qed.

Lemma invalidate_all_frame l : forall h b h' b', NoDup l -> invalidate_all h b l = Ok (h', b') ->
  (forall j, j ∉ l -> transfers h' !! j = transfers h !! j) /\
  (forall j t, j ∈ l -> transfers h !! j = Some t -> m_peer_info t <> None -> transfers h' !! j = Some (set_block t None)) /\
  self b' = self b /\ m_queued b' = m_queued b /\ m_transfers b' = m_transfers b.
Proof.
  induction l as [|k l IH]; intros h b h' b' Hn E; cbn [invalidate_all] in E.
  { injection E as <- <-. split_and!; try done. intros j t Hj. by apply elem_of_nil in Hj. }
  apply NoDup_cons in Hn as [Hk Hn]. apply bind_ok in E as ([h1 b1] & E1 & E).
  destruct (IH _ _ _ _ Hn E) as (F1 & F2 & F3 & F4 & F5).
  assert (Hs : is_Some (transfers h !! k)).
  { unfold invalidate_transfer, get in E1. apply bind_ok in E1 as (? & _ & E1). destruct (transfers h !! k); [by eexists|]. done. }
  destruct Hs as [t Ht]. destruct (invalidate_frame _ _ _ _ _ _ E1 Ht) as (G1 & G2 & G3 & G4 & G5).
  split_and!; try congruence.
  - intros j Hj. apply not_elem_of_cons in Hj as [? ?]. by rewrite F1, G1.
  - intros j u Hj Hu Hp. apply elem_of_cons in Hj as [->|Hj].
    + rewrite F1 by done. rewrite Ht in Hu. injection Hu as <-. by apply G2.
    + apply F2; [done| |done]. rewrite G1; [done|]. by intros ->.
Qed.

Lemma partition_by_perm h f l : forall yes no, partition_by h f l = Ok (yes, no) -> yes ++ no ≡ₚ l.
Proof.
  induction l as [|k l IH]; intros yes no E; cbn [partition_by] in E; [by res_inv|].
  apply bind_ok in E as (t & _ & E). apply bind_ok in E as ([y n] & E1 & E). specialize (IH y n E1).
  destruct (f t); res_inv; rewrite <- IH; [done|]. by rewrite Permutation_middle.
Qed.

(** The requests that waited in the block belong to no block afterwards, the
    queue is empty and nothing outside of the block changes. *)
Lemma completed_frame h b k h' b' : NoDup (members b) -> k ∈ m_transfers b -> completed_rest h b k = Ok (h', b') ->
  self b' = self b /\ m_queued b' = [] /\ (forall j, j ∈ m_transfers b' -> j ∈ m_transfers b) /\
  (forall j, j ∉ members b -> transfers h' !! j = transfers h !! j) /\
  (forall j t, j ∈ m_queued b -> transfers h !! j = Some t -> m_peer_info t <> None -> transfers h' !! j = Some (set_block t None)).
Proof.
  unfold completed_rest, remove_non_leader_transfers. intros Hn Hk E. apply bind_ok in E as (t & Et & E).
  apply bind_ok in E as ([h2 b2] & E2 & E). apply bind_ok in E as ([h3 b3] & E3 & E). apply bind_ok in E as (? & _ & E). injection E as <- <-.
  apply bind_ok in E3 as ([keep gone] & Ep & E3). apply bind_ok in E3 as ([h4 b4] & E4 & E3). injection E3 as <- <-.
  apply NoDup_app in Hn as (HnQ & Hd & HnT).
  destruct (invalidate_all_frame _ _ _ _ _ HnQ E2) as (F1 & F2 & F3 & F4 & F5).
  cbn [with_lists with_stalled m_transfers m_queued self] in *. rewrite F5 in Ep. pose proof (partition_by_perm _ _ _ _ _ Ep) as Hper.
  rewrite <- Hper in HnT. apply NoDup_app in HnT as (_ & _ & HnG).
  destruct (invalidate_all_frame _ _ _ _ _ HnG E4) as (G1 & G2 & G3 & G4 & G5). cbn [with_lists with_state self m_queued m_transfers] in *.
  assert (Hgone : forall j, j ∈ gone -> j ∈ m_transfers b) by (intros j Hj; rewrite <- Hper; apply elem_of_app; by right).
  split; [congruence|]. split; [done|]. split; [intros j Hj; rewrite <- Hper; apply elem_of_app; by left|]. split.
  - intros j Hj. unfold members in Hj. rewrite elem_of_app in Hj. rewrite G1 by (intros Hx; apply Hj; right; by apply Hgone).
    rewrite F1 by tauto. cbn. rewrite lookup_insert_ne; [done|]. intros ->. tauto.
  - intros j u Hj Hu Hp. rewrite G1 by (intros Hx; by apply (Hd j Hj), Hgone). apply F2; [done| |done].
    cbn. rewrite lookup_insert_ne; [done|]. intros ->. by apply (Hd j Hj).
Qed.

(** ** Taking a transfer out *)

Lemma unqueue_wf h b k t : wf h b -> k ∈ m_queued b -> transfers h !! k = Some t ->
  wf h (with_lists (with_stalled b (m_notStalled b - b2z (m_stall t =? 0)))
          (List.remove Nat.eq_dec k (m_queued b)) (m_transfers b)) /\
  k ∉ List.remove Nat.eq_dec k (m_queued b) ++ m_transfers b.
Proof.
  intros [Hn Hq (olds & act & ET & Ho & Hs) Hc Hpc Hwd] HQ Hk. unfold members in *.
  pose proof Hn as Hn'. apply NoDup_app in Hn' as (Hn1 & Hn2 & Hn3). split.
  - split; unfold members; cbn [with_lists with_stalled m_queued m_transfers self b_piece m_notStalled]; try done.
    + apply NoDup_app. split; [by apply NoDup_remove_nat|]. split; [|done]. intros j [Hj _]%elem_of_remove. by apply Hn2.
    + rewrite Forall_forall in *. intros j [Hj _]%elem_of_remove. by apply Hq.
    + exists olds, act. split; [done|]. split; [done|]. apply (shape_frame (transfers h) _ b); try done.
      intros Es. unfold shape in Hs. rewrite Es in Hs. destruct (m_leader b); [|done].
      destruct Hs as (_ & Eq & _). rewrite Eq in HQ. by apply elem_of_nil in HQ.
    + rewrite Hc, !count_app, (count_remove_nat _ (m_queued b) k Hn1 HQ).
      assert (stall0 (transfers h) k = (m_stall t =? 0)) as -> by (unfold stall0, test; by rewrite Hk).
      unfold b2z. destruct (m_stall t =? 0); simpl; lia.
    + unfold b2z. destruct (m_stall t =? 0); lia.
  - rewrite elem_of_app, elem_of_remove. intros [[_ ?]|?]; [done|]. by apply (Hn2 k).
Qed.

Lemma remove_app_r (k : nat) (l1 l2 : list nat) : k ∉ l1 ->
  List.remove Nat.eq_dec k (l1 ++ l2) = l1 ++ List.remove Nat.eq_dec k l2.
Proof. intros H. rewrite List.remove_app, (List.notin_remove _ l1); [done|]. by rewrite <- list_elem_of_In. Qed.

Lemma remove_others k act : NoDup act -> List.remove Nat.eq_dec k act = others k act.
Proof.
  intros _. induction act as [|j act IH]; [done|]. unfold others in *. simpl. destruct (Nat.eq_dec k j) as [->|Hne].
  - by rewrite bool_decide_eq_true_2.
  - rewrite bool_decide_eq_false_2 by congruence. simpl. by rewrite IH.
Qed.

Lemma unfollow_wf h b k t : wf h b -> m_leader b <> Some k -> k ∈ m_transfers b -> transfers h !! k = Some t ->
  m_block t <> None -> wf h (with_lists (with_stalled b (m_notStalled b - b2z (m_stall t =? 0)))
          (m_queued b) (List.remove Nat.eq_dec k (m_transfers b))) /\
  k ∉ m_queued b ++ List.remove Nat.eq_dec k (m_transfers b).
Proof.
  intros Hw Hl HT Hk Hb. assert (Hin : k ∈ members b) by (apply elem_of_app; by right).
  destruct (valid_place h b k t Hw Hk Hb Hin) as (Ei & Eb & [(_ & ? & _)|(_ & HkQ & _)]); [done|].
  destruct (m_leader b) as [l|] eqn:El.
  2: { exfalso. destruct (wf_shape h b Hw) as (olds & act & ET & Ho & Hs). unfold shape in Hs. rewrite El, Ei in Hs. subst act.
       rewrite ET, app_nil_r in HT. rewrite Forall_forall in Ho. destruct (Ho k HT) as (u & Hu & _ & ? & _). congruence. }
  destruct (led_parts h b l Hw El Ei) as (olds & act & u & ET & Ho & H1 & Hno & Hna & Hnoa & HTQ & HnQ & Hu & Hst & Hub & H3 & Hc).
  assert (Hko : k ∉ olds). { intros Hx. rewrite Forall_forall in Ho. destruct (Ho k Hx) as (v & Hv & _ & ? & _). congruence. }
  assert (Hka : k ∈ act) by (rewrite ET in HT; apply elem_of_app in HT as [?|?]; done).
  assert (ET' : List.remove Nat.eq_dec k (m_transfers b) = olds ++ others k act).
  { by rewrite ET, remove_app_r, remove_others. }
  split.
  2: { rewrite ET', !elem_of_app, elem_of_others. tauto. }
  destruct Hw as [Hn Hq _ Hcc Hpc Hwd].
  split; unfold members; cbn [with_lists with_stalled m_queued m_transfers self b_piece m_notStalled]; rewrite ?ET'; try done.
  - apply NoDup_app. split; [done|]. split.
    + intros j Hj Hx. apply (HTQ j); [|done]. rewrite elem_of_app, elem_of_others in Hx. rewrite elem_of_app. tauto.
    + apply NoDup_app. split; [done|]. split; [|by apply NoDup_filter_bool]. intros j Hj [Hx _]%elem_of_others. by apply (Hnoa j).
  - exists olds, (others k act). split; [done|]. split; [done|]. unfold shape.
    cbn [with_lists with_stalled m_leader b_state self]. rewrite El, Ei. split; [apply elem_of_others; split; [done|congruence]|].
    split; [by exists u|]. intros j [Hj _]%elem_of_others. by apply H3.
  - unfold members in Hcc. rewrite Hcc, ET, !count_app, (count_others _ k act Hna Hka).
    assert (stall0 (transfers h) k = (m_stall t =? 0)) as -> by (unfold stall0, test; by rewrite Hk).
    unfold b2z. destruct (m_stall t =? 0); simpl; lia.
  - unfold b2z. destruct (m_stall t =? 0); lia.
Qed.

Lemma span_by_ok h f l1 l2 : Forall (fun k => test (transfers h) f k = true) l1 ->
  Forall (fun k => is_Some (transfers h !! k) /\ test (transfers h) f k = false) l2 -> span_by h f (l1 ++ l2) = Ok (l1, l2).
Proof.
  intros H1 H2. induction H1 as [|k l Hk Hl IH]; simpl.
  - destruct l2 as [|k l]; [done|]. apply Forall_cons in H2 as [[[t Ht] Hf] _]. simpl. unfold get, test in *.
    rewrite Ht in *. res_simpl. by rewrite Hf.
  - unfold get, test in *. destruct (transfers h !! k) as [t|]; [|done]. res_simpl. rewrite Hk, IH. done.
Qed.

Lemma max_position_in h l : forall best, Forall (fun k => is_Some (transfers h !! k)) (best :: l) ->
  exists k, max_position h best l = Ok k /\ k ∈ best :: l.
Proof.
  induction l as [|x l IH]; intros best Hs; [exists best; split; [done|left]|].
  apply Forall_cons in Hs as [[tb Hb] Hs]. pose proof Hs as Hs'. apply Forall_cons in Hs' as [[tx Hx] Hs'].
  simpl. unfold get. rewrite Hb, Hx. res_simpl. destruct (_ <? _).
  - destruct (IH x Hs) as (k & -> & Hk). exists k. split; [done|]. by right.
  - destruct (IH best) as (k & -> & Hk). { constructor; [by eexists|done]. }
    exists k. split; [done|]. apply elem_of_cons in Hk as [->|Hk]; [left|by right; right].
Qed.

(** A block that lost its leader, before another is chosen. *)
Record orphan (h : Heap) (b : Block) (olds rest : list nat) : Prop := {
  orph_lists : m_transfers b = olds ++ rest;
  orph_nodup : NoDup (m_queued b ++ olds ++ rest);
  orph_queued : Forall (fun k => waiting (self b) (transfers h !! k)) (m_queued b);
  orph_olds : Forall (fun k => past (transfers h !! k)) olds;
  orph_rest : Forall (fun k => following (self b) (transfers h !! k)) rest;
  orph_count : m_notStalled b = Z.of_nat (count (stall0 (transfers h)) (m_queued b ++ olds ++ rest));
  orph_piece : Piece.m_length (b_piece b) <> 0;
  orph_width : m_notStalled b < 2 ^ 32;
  orph_state : b_state b = STATE_INCOMPLETE
}.

(** The transfers that match the leader's data take over, the furthest first. *)
Lemma adopt_wf h b olds rest k t : orphan h b olds rest -> k ∈ rest -> transfers h !! k = Some t ->
  m_state t = STATE_NOT_LEADER ->
  wf (put h k (set_state t STATE_LEADER)) (with_leader b (Some k)).
Proof.
  intros [ET Hn Hq Ho Hr Hc Hpc Hwd Ei] Hin Hk Hst. rewrite Forall_forall in Hr.
  apply NoDup_app in Hn as Hn'. destruct Hn' as (Hn1 & Hn2 & Hn3). apply NoDup_app in Hn3 as (Hn4 & Hn5 & Hn6).
  assert (HkQ : k ∉ m_queued b) by (intros Hx; apply (Hn2 k Hx), elem_of_app; by right).
  assert (Hko : k ∉ olds) by (intros Hx; by apply (Hn5 k)).
  split; unfold members; cbn [with_leader m_queued m_transfers self b_piece m_notStalled put with_transfers transfers]; rewrite ?ET; try done.
  - apply (frame_Forall (waiting (self b)) (transfers h)); [by apply frame_insert|done].
  - exists olds, rest. split; [done|]. split; [apply (frame_Forall past (transfers h)); [by apply frame_insert|done]|].
    unfold shape. cbn [with_leader m_leader b_state self]. rewrite Ei. split; [done|]. split.
    + rewrite lookup_insert_eq. eexists. split; [reflexivity|]. split; [done|].
      destruct (Hr k Hin) as (u & Hu & [(_ & Hx & _)|(Hx & _)]); rewrite Hk in Hu; injection Hu as ->; [done|congruence].
    + intros j Hj Hne. rewrite lookup_insert_ne by done. by apply Hr.
  - rewrite Hc. f_equal. apply count_ext, Forall_forall. intros j _. unfold stall0, test.
    destruct (decide (k = j)) as [->|]; [by rewrite lookup_insert_eq, Hk|by rewrite lookup_insert_ne].
Qed.

(** Without such a transfer the dissimilar ones are dropped. *)
Lemma abandon_wf h b olds rest : orphan h b olds rest -> heap_ok h -> m_leader b = None ->
  Forall (fun k => test (transfers h) is_erased k = true) rest ->
  exists h' b', remove_erased_transfers h b = Ok (h', b') /\ heap_ok h' /\ wf h' b' /\
    m_queued b' = m_queued b /\ m_transfers b' = olds /\ self b' = self b /\
    (forall j, j ∉ rest -> transfers h' !! j = transfers h !! j).
Proof.
  intros [ET Hn Hq Ho Hr Hc Hpc Hwd Ei] Hok El He. unfold remove_erased_transfers. rewrite ET, partition_by_ok.
  2: { apply Forall_app. split; eapply Forall_impl; [exact Ho| |exact Hr|]; intros j (u & -> & _); by eexists. }
  rewrite !List.filter_app.
  assert (Hoe : Forall (fun j => test (transfers h) (fun t => negb (is_erased t)) j = true) olds).
  { eapply Forall_impl; [exact Ho|]. intros j (u & Hu & Hx & _). unfold test, is_erased. rewrite Hu, Hx. done. }
  assert (Hre : Forall (fun j => test (transfers h) (fun t => negb (is_erased t)) j = false) rest).
  { eapply Forall_impl; [exact He|]. intros j Hj. unfold test in *. destruct (transfers h !! j); [|done]. by rewrite Hj. }
  rewrite (filter_all _ olds Hoe), (filter_none _ rest Hre).
  rewrite (filter_none (fun j => negb _) olds) by (eapply Forall_impl; [exact Hoe|]; simpl; by intros j ->).
  rewrite (filter_all (fun j => negb _) rest) by (eapply Forall_impl; [exact Hre|]; simpl; by intros j ->).
  rewrite app_nil_r. cbn [app]. res_simpl.
  apply NoDup_app in Hn as (Hn1 & Hn2 & Hn3). apply NoDup_app in Hn3 as (Hn4 & Hn5 & Hn6). rewrite !count_app in Hc.
  destruct (invalidate_all_ok rest h b Hok Hn6) as (h' & -> & Hok' & Hfr).
  { eapply Forall_impl; [exact Hr|]. intros j (u & -> & _). by eexists. }
  { congruence. }
  { lia. }
  res_simpl. do 2 eexists. split; [reflexivity|]. split; [done|]. split; [|by split_and!].
  assert (HfQ : forall j, j ∈ m_queued b -> transfers h' !! j = transfers h !! j).
  { intros j Hj. apply Hfr. intros Hx. apply (Hn2 j Hj), elem_of_app. by right. }
  assert (Hfo : forall j, j ∈ olds -> transfers h' !! j = transfers h !! j) by (intros j Hj; apply Hfr; by apply Hn5).
  split; unfold members; cbn [with_lists with_stalled m_queued m_transfers self b_piece m_notStalled]; try done.
  - apply NoDup_app. split; [done|]. split; [|done]. intros j Hj Hx. apply (Hn2 j Hj), elem_of_app. by left.
  - by apply (frame_Forall (waiting (self b)) (transfers h)).
  - exists olds, []. rewrite app_nil_r. split; [done|]. split; [by apply (frame_Forall past (transfers h))|].
    unfold shape. cbn [with_lists with_stalled m_leader b_state]. by rewrite El, Ei.
  - rewrite count_app, (frame_count (transfers h) _ _ HfQ), (frame_count (transfers h) _ _ Hfo). lia.
  - lia.
Qed.

Lemma promote_inv h b olds rest : orphan h b olds rest -> heap_ok h ->
  exists h' b', promote_leader h b = Ok (h', b') /\ heap_ok h' /\ wf h' b' /\
    (forall j, j ∈ members b' -> j ∈ m_queued b ++ olds ++ rest) /\
    (forall j, j ∉ rest -> transfers h' !! j = transfers h !! j) /\
    m_queued b' = m_queued b /\ self b' = self b.
Proof.
  intros Hor Hok. pose proof Hor as [ET Hn Hq Ho Hr Hc Hpc Hwd Ei]. unfold promote_leader. rewrite ET.
  assert (Hrs : Forall (fun k => is_Some (transfers h !! k)) rest).
  { eapply Forall_impl; [exact Hr|]. intros j (u & -> & _). by eexists. }
  rewrite span_by_ok.
  2: { eapply Forall_impl; [exact Ho|]. intros j (u & Hu & Hx & _). unfold test, is_leader. rewrite Hu, Hx. done. }
  2: { eapply Forall_impl; [exact Hr|]. intros j (u & Hu & Hx). unfold test, is_leader. rewrite Hu. split; [by eexists|].
       destruct Hx as [(-> & _)|(-> & _)]; done. }
  res_simpl. rewrite partition_by_ok by done. res_simpl.
  set (yes := List.filter _ rest). set (no := List.filter (fun k => negb _) rest).
  assert (Hel : forall j, j ∈ yes ++ no <-> j ∈ rest).
  { intros j. unfold yes, no. rewrite elem_of_app, !elem_of_filter_bool, negb_true_iff. destruct (test _ _ j); intuition. }
  apply NoDup_app in Hn as Hn'. destruct Hn' as (Hn1 & Hn2 & Hn3). apply NoDup_app in Hn3 as (Hn4 & Hn5 & Hn6).
  assert (Hor2 : forall l, orphan h (with_leader (with_lists b (m_queued b) (olds ++ yes ++ no)) l) olds (yes ++ no)).
  { intros l. split; cbn [with_leader with_lists m_queued m_transfers self b_piece m_notStalled b_state]; try done.
    - apply NoDup_app. split; [done|]. split.
      { intros j Hj Hx. apply (Hn2 j Hj). rewrite elem_of_app, Hel in Hx. by rewrite elem_of_app. }
      apply NoDup_app. split; [done|]. split; [intros j Hj; rewrite Hel; by apply Hn5|].
      apply NoDup_app. split; [by apply NoDup_filter_bool|]. split; [|by apply NoDup_filter_bool].
      intros j [_ Hx]%elem_of_filter_bool [_ Hy]%elem_of_filter_bool. by rewrite Hx in Hy.
    - apply Forall_forall. intros j Hj. rewrite Hel in Hj. rewrite Forall_forall in Hr. by apply Hr.
    - rewrite Hc, !count_app, (count_filter_negb _ (test (transfers h) is_not_leader) rest). unfold yes, no. lia. }
  destruct yes as [|x l] eqn:Ey.
  - destruct (abandon_wf h _ olds ([] ++ no) (Hor2 None) Hok eq_refl) as (h' & b' & -> & Hok' & Hw' & EQ & ET' & ES & Hfr).
    { apply Forall_forall. intros j Hj. assert (Hjr : j ∈ rest) by (by apply Hel). rewrite Forall_forall in Hr.
      destruct (Hr j Hjr) as (u & Hu & [(Hx & _)|(Hx & _)]).
      - exfalso. assert (j ∈ @nil nat); [|by apply (elem_of_nil j)]. rewrite <- Ey. apply elem_of_filter_bool.
        split; [done|]. unfold test, is_not_leader. by rewrite Hu, Hx.
      - unfold test, is_erased. by rewrite Hu, Hx. }
    do 2 eexists. split; [reflexivity|]. split; [done|]. split; [done|]. split.
    + intros j. unfold members. rewrite EQ, ET'. cbn [with_leader with_lists m_queued]. rewrite !elem_of_app. tauto.
    + split; [|done]. intros j Hj. apply Hfr. by rewrite Hel.
  - assert (Hys : Forall (fun k => is_Some (transfers h !! k)) (x :: l)).
    { rewrite <- Ey. apply Forall_forall. intros j [Hj _]%elem_of_filter_bool. rewrite Forall_forall in Hrs. by apply Hrs. }
    destruct (max_position_in h l x Hys) as (k & -> & Hk). res_simpl.
    assert (Hkr : k ∈ rest /\ test (transfers h) is_not_leader k = true)
      by (rewrite <- Ey in Hk; by apply elem_of_filter_bool in Hk).
    destruct Hkr as [Hkr Hkt]. unfold test in Hkt. unfold get. destruct (transfers h !! k) as [t|] eqn:Ek; [|done]. res_simpl.
    apply bool_decide_eq_true_1 in Hkt. do 2 eexists. split; [reflexivity|].
    split; [by apply (put_same_peer h k t)|]. split.
    + refine (adopt_wf h _ olds (x :: l ++ no) k t (Hor2 (Some k)) _ Ek Hkt).
      change (x :: l ++ no) with ((x :: l) ++ no). by apply Hel.
    + split.
      * intros j. unfold members. cbn [with_leader with_lists m_queued m_transfers]. rewrite !(elem_of_app _ (olds ++ _)), !elem_of_app.
        rewrite <- (Hel j), elem_of_app. tauto.
      * split; [|done]. intros j Hj. simpl. rewrite lookup_insert_ne; [done|]. by intros ->.
Qed.

(** The last lines of [erase]: the transfer is no longer a member and goes. *)
Lemma delete_erased h b k t : heap_ok h -> wf h b -> k ∉ members b -> transfers h !! k = Some t -> m_peer_info t = None ->
  exists h', (t ← get h k; h ← delete_transfer (put h k (set_block t None)) k; Ok (h, b)) = Ok (h', b) /\ inv h' b /\
    transfers h' = delete k (transfers h).
Proof.
  intros Hok Hw Hk Ht Hp. unfold get. rewrite Ht. res_simpl. set (h1 := put h k _).
  assert (Hok1 : heap_ok h1) by (by apply (put_same_peer h k t)).
  destruct (delete_ok h1 k (set_block t None) Hok1) as (h2 & -> & Hok2 & E2); [|done|done|].
  { simpl. by rewrite lookup_insert_eq. }
  res_simpl. eexists. split; [reflexivity|]. split; [|rewrite E2; apply delete_insert_eq].
  split; [done|]. apply (wf_frame h); [done|]. intros j Hj.
  assert (k <> j) by (by intros ->). rewrite E2, lookup_delete_ne by done. simpl. by rewrite lookup_insert_ne.
Qed.

(** The block after its unfinished leader left the list. *)
Lemma leader_leaves h b k t : wf h b -> m_leader b = Some k -> b_state b = STATE_INCOMPLETE ->
  transfers h !! k = Some t ->
  exists olds rest, (k ∉ m_queued b ++ olds ++ rest) /\
    orphan h (with_lists (with_stalled b (m_notStalled b - b2z (m_stall t =? 0))) (m_queued b)
                (List.remove Nat.eq_dec k (m_transfers b))) olds rest.
Proof.
  intros Hw El Ei Hk.
  destruct (led_parts h b k Hw El Ei) as (olds & act & u & ET & Ho & H1 & Hno & Hna & Hnoa & HTQ & HnQ & Hu & Hst & Hub & H3 & Hc).
  rewrite Hk in Hu. injection Hu as <-. exists olds, (others k act).
  assert (Hko : k ∉ olds) by (intros Hx; by apply (Hnoa k)).
  assert (HkQ : k ∉ m_queued b) by (apply HTQ, elem_of_app; by right). split.
  { rewrite !elem_of_app, elem_of_others. tauto. }
  pose proof Hw as [Hn Hq _ Hcc Hpc Hwd].
  split; cbn [with_lists with_stalled m_queued m_transfers self b_piece m_notStalled b_state]; try done.
  - by rewrite ET, remove_app_r, remove_others.
  - apply NoDup_app. split; [done|]. split.
    + intros j Hj Hx. apply (HTQ j); [|done]. rewrite elem_of_app, elem_of_others in Hx. rewrite elem_of_app. tauto.
    + apply NoDup_app. split; [done|]. split; [|by apply NoDup_filter_bool]. intros j Hj [Hx _]%elem_of_others. by apply (Hnoa j).
  - apply Forall_forall. intros j [Hj Hne]%elem_of_others. by apply H3.
  - rewrite Hc, !count_app, (past_count _ olds Ho). unfold b2z. destruct (m_stall t =? 0); simpl; lia.
  - unfold b2z. destruct (m_stall t =? 0); lia.
Qed.

(** What a call for the transfer [k] may change: nothing outside of the block,
    and of the other requests that wait in the block, nothing either. *)
Record block_step (k : nat) (h : Heap) (b : Block) (h' : Heap) (b' : Block) : Prop := {
  bs_inv : inv h' b';
  bs_self : self b' = self b;
  bs_state : b_state b' = b_state b;
  bs_members : forall j, j ∈ members b' -> j ∈ members b;
  bs_outside : forall j, j ∉ members b -> transfers h' !! j = transfers h !! j;
  bs_queued : forall j, j ∈ m_queued b -> j <> k -> j ∈ m_queued b' /\ transfers h' !! j = transfers h !! j;
  bs_started : k ∈ m_queued b -> forall j, j ∈ m_transfers b -> j ∈ m_transfers b' /\ transfers h' !! j = transfers h !! j
}.

(** No transfer that goes changes the state of the block. *)
Lemma invalidate_state h b k h' b' : invalidate_transfer h b k = Ok (h', b') -> b_state b' = b_state b.
Proof.
  unfold invalidate_transfer. intros E. apply bind_ok in E as (? & _ & E). apply bind_ok in E as (t & _ & E).
  apply bind_ok in E as (b1 & E1 & E). assert (Eb : b_state b1 = b_state b) by (destruct (m_stall t =? 0); by res_inv).
  rewrite <- Eb. clear E1 Eb. destruct (m_peer_info t); [destruct (bool_decide _)|]; by res_inv.
Qed.

Lemma invalidate_all_state l : forall h b h' b', invalidate_all h b l = Ok (h', b') -> b_state b' = b_state b.
Proof.
  induction l as [|k l IH]; intros h b h' b' E; cbn [invalidate_all] in E; res_inv; [done|]. destruct v as [h1 b1].
  by rewrite (IH _ _ _ _ E), (invalidate_state _ _ _ _ _ E0).
Qed.

Lemma promote_state h b h' b' : promote_leader h b = Ok (h', b') -> b_state b' = b_state b.
Proof.
  unfold promote_leader. intros E. apply bind_ok in E as ([pre rest] & _ & E). apply bind_ok in E as ([yes no] & _ & E).
  destruct yes; [|by res_inv]. unfold remove_erased_transfers in E. apply bind_ok in E as ([keep gone] & _ & E).
  apply bind_ok in E as ([h1 b1] & E1 & E). res_inv. by apply invalidate_all_state in E1.
Qed.

Lemma block_erase_inv h b k t : inv h b -> transfers h !! k = Some t -> m_block t <> None -> k ∈ members b ->
  m_peer_info t = None -> BlockTransfer.is_finished t = false ->
  exists h' b', erase h b k = Ok (h', b') /\ block_step k h b h' b' /\ transfers h' !! k = None.
Proof.
  intros [Hok Hw] Hk Hb Hin Hp Hf. unfold erase.
  assert (Hdj : forall j, j ∈ m_queued b -> j ∉ m_transfers b)
    by (apply (NoDup_app (m_queued b)); apply (wf_nodup h b Hw)).
  assert (get h k = Ok t) as -> by (unfold get; by rewrite Hk). res_simpl.
  pose proof (wf_count h b Hw) as Hc. pose proof (wf_width h b Hw) as Hwd.
  assert (Hs0 : m_stall t = 0 -> (1 <= count (stall0 (transfers h)) (members b))%nat)
    by (by apply (count_stall0_in (transfers h) k)).
  assert (En : u32 (m_notStalled b - b2z (m_stall t =? 0)) = m_notStalled b - b2z (m_stall t =? 0)).
  { apply u32_small. unfold b2z. destruct (Z.eqb_spec (m_stall t) 0) as [E|E]; [specialize (Hs0 E)|]; lia. }
  destruct (valid_place h b k t Hw Hk Hb Hin) as (Ei & Eb & [(HQ & HT & Hst & _)|(HT & HQ & Hpl)]).
  - unfold is_erased, is_queued. rewrite Hst, Hp, En. res_simpl. rewrite bool_decide_eq_true_2 by done.
    cbn [with_stalled m_queued m_transfers]. rewrite bool_decide_eq_false_2 by (intros Hx; by apply Hx). res_simpl.
    destruct (unqueue_wf h b k t Hw HQ Hk) as [Hw' Hk'].
    destruct (delete_erased h _ k t Hok Hw' Hk' Hk Hp) as (h' & E & Hi' & Eh). do 2 eexists. split; [exact E|].
    split; [|by rewrite Eh, lookup_delete_eq].
    split; unfold members; cbn [with_lists with_stalled self m_queued m_transfers]; try done; rewrite ?Eh.
    + intros j. rewrite !elem_of_app, elem_of_remove. tauto.
    + intros j Hj. rewrite lookup_delete_ne; [done|]. by intros <-.
    + intros j Hj Hne. rewrite elem_of_remove, lookup_delete_ne by done. done.
    + intros _ j Hj. rewrite lookup_delete_ne; [done|]. by intros <-.
  - assert (Hst : m_state t <> STATE_ERASED /\ m_state t <> STATE_QUEUED)
      by (destruct Hpl as [[_ ->]|(_ & -> & _)]; done).
    unfold is_erased, is_queued. rewrite (bool_decide_eq_false_2 (m_state t = STATE_ERASED)) by tauto.
    rewrite (bool_decide_eq_false_2 (m_state t = STATE_QUEUED)) by tauto. rewrite Hp, Hf, En. res_simpl. cbn [negb].
    cbn [with_stalled m_queued m_transfers].
    rewrite (bool_decide_eq_false_2 (k ∉ m_transfers b)) by (intros Hx; by apply Hx). res_simpl.
    set (b1 := with_lists _ _ _). change (m_leader b1) with (m_leader b). change (b_state b1) with (b_state b). rewrite Ei.
    destruct (decide (m_leader b = Some k)) as [El|El].
    + rewrite bool_decide_eq_true_2 by done. res_simpl.
      destruct (leader_leaves h b k t Hw El Ei Hk) as (olds & rest & Hno & Hor). fold b1 in Hor.
      destruct (promote_inv h b1 olds rest Hor Hok) as (h2 & b2 & E2 & Hok2 & Hw2 & Hmem & Hfr & EQ & ES).
      pose proof (promote_state _ _ _ _ E2) as Est. rewrite E2. res_simpl.
      assert (Hk2 : transfers h2 !! k = Some t).
      { rewrite Hfr; [done|]. intros Hx. apply Hno. rewrite !elem_of_app. tauto. }
      destruct (delete_erased h2 b2 k t Hok2 Hw2 (fun Hx => Hno (Hmem k Hx)) Hk2 Hp) as (h' & E & Hi' & Eh). do 2 eexists. split; [exact E|].
      split; [|by rewrite Eh, lookup_delete_eq].
      assert (Hsub : forall j, j ∈ olds ++ rest -> j ∈ m_transfers b).
      { intros j. rewrite <- (orph_lists _ _ _ _ Hor). unfold b1. cbn [with_lists m_transfers]. rewrite elem_of_remove. tauto. }
      assert (Hout : forall j, j ∉ rest -> j <> k -> transfers h' !! j = transfers h !! j).
      { intros j Hj Hne. rewrite Eh, lookup_delete_ne by done. by apply Hfr. }
      split; try done.
      * intros j Hj%Hmem. unfold members. rewrite !elem_of_app in *. cbn [b1 with_lists with_stalled m_queued] in Hj.
        destruct Hj as [?|Hj]; [by left|right]. apply Hsub. by apply elem_of_app.
      * intros j Hj. unfold members in Hj, Hin. rewrite elem_of_app in Hj. apply Hout.
        -- intros Hx. apply Hj. right. apply Hsub, elem_of_app. by right.
        -- intros ->. by rewrite <- elem_of_app in Hj.
      * intros j Hj Hne. rewrite EQ. split; [done|]. apply Hout; [|done].
        intros Hx. apply (Hdj j Hj). apply Hsub, elem_of_app. by right.
    + rewrite bool_decide_eq_false_2 by done. res_simpl.
      destruct (unfollow_wf h b k t Hw El HT Hk Hb) as [Hw' Hk']. fold b1 in Hw'.
      destruct (delete_erased h b1 k t Hok Hw' Hk' Hk Hp) as (h' & E & Hi' & Eh). do 2 eexists. split; [exact E|].
      split; [|by rewrite Eh, lookup_delete_eq].
      split; unfold members; cbn [b1 with_lists with_stalled self m_queued m_transfers]; try done; rewrite ?Eh.
      * intros j. rewrite !elem_of_app, elem_of_remove. tauto.
      * intros j Hj. rewrite lookup_delete_ne; [done|]. by intros <-.
      * intros j Hj Hne. by rewrite lookup_delete_ne.
Qed.

Lemma release_step h b k t : inv h b -> transfers h !! k = Some t -> m_block t = Some (self b) -> k ∈ members b ->
  BlockTransfer.is_finished t = false ->
  exists h' b', release h b k = Ok (h', b') /\ block_step k h b h' b' /\ transfers h' !! k = None.
Proof.
  intros [Hok Hw] Hk Eb Hin Hf. unfold release.
  destruct (set_peer_none h k t Hok Hk) as (h1 & -> & Hok1 & Em & _). res_simpl.
  assert (Hk1 : transfers h1 !! k = Some (with_peer t None)) by (by rewrite Em, lookup_insert_eq).
  unfold get. rewrite Hk1. res_simpl. cbn [with_peer m_block]. rewrite Eb, bool_decide_eq_true_2 by done. res_simpl.
  destruct (block_erase_inv h1 b k (with_peer t None)) as (h' & b' & E & [Hi Hs Hbs Hm Ho Hq Hst] & Hn); try done.
  - split; [done|]. pose proof (update_valid_wf h h1 b k t (with_peer t None) Hw Hk ltac:(congruence) Hin Em eq_refl eq_refl
      (fun x => x) (fun _ => Hf)) as Hw1.
    change (m_stall (with_peer t None)) with (m_stall t) in Hw1.
    replace (m_notStalled b - b2z (m_stall t =? 0) + b2z (m_stall t =? 0)) with (m_notStalled b) in Hw1 by lia.
    by destruct b.
  - cbn [with_peer m_block]. congruence.
  - exists h', b'. split; [done|]. split; [|done].
    assert (Hfr : forall j, j <> k -> transfers h1 !! j = transfers h !! j) by (intros j Hj; by rewrite Em, lookup_insert_ne).
    split; try done.
    + intros j Hj. rewrite Ho by done. apply Hfr. by intros ->.
    + intros j Hj Hne. rewrite <- Hfr by done. by apply Hq.
    + intros HQ j Hj. rewrite <- Hfr; [by apply Hst|]. intros ->.
      apply (NoDup_app (m_queued b)) in Hj; [done|apply (wf_nodup h b Hw)|done].
Qed.

Lemma release_inv h b k t : inv h b -> transfers h !! k = Some t ->
  (m_block t = None /\ k ∉ members b) \/
  (m_block t = Some (self b) /\ k ∈ members b /\ BlockTransfer.is_finished t = false) ->
  exists h' b', release h b k = Ok (h', b') /\ inv h' b'.
Proof.
  intros Hi Hk [(Eb & Hno)|(Eb & Hin & Hf)].
  2: { destruct (release_step h b k t Hi Hk Eb Hin Hf) as (h' & b' & -> & Hs & _). do 2 eexists. split; [done|apply Hs]. }
  destruct Hi as [Hok Hw]. unfold release.
  destruct (set_peer_none h k t Hok Hk) as (h1 & -> & Hok1 & Em & _). res_simpl.
  assert (Hk1 : transfers h1 !! k = Some (with_peer t None)) by (by rewrite Em, lookup_insert_eq).
  unfold get. rewrite Hk1. res_simpl. cbn [with_peer m_block]. rewrite Eb.
  destruct (delete_ok h1 k _ Hok1 Hk1 Eb eq_refl) as (h2 & -> & Hok2 & E2). res_simpl. do 2 eexists. split; [reflexivity|].
  split; [done|]. apply (wf_frame h); [done|]. intros j Hj. assert (k <> j) by (by intros ->).
  by rewrite E2, lookup_delete_ne, Em, lookup_insert_ne.
Qed.

(** A call that writes the transfer [k] only. *)
Lemma step_at k t h b h' b' : inv h' b' -> self b' = self b -> b_state b' = b_state b -> transfers h' = <[k := t]> (transfers h) -> NoDup (members b) ->
  k ∈ members b -> (forall j, j ∈ members b' <-> j ∈ members b) -> (forall j, j ∈ m_queued b -> j <> k -> j ∈ m_queued b') ->
  (forall j, j ∈ m_transfers b -> j ∈ m_transfers b') -> block_step k h b h' b'.
Proof.
  intros Hi Hs Hbs Eh Hn Hk Hm Hq Ht.
  assert (Hfr : forall j, j <> k -> transfers h' !! j = transfers h !! j) by (intros j Hj; by rewrite Eh, lookup_insert_ne).
  split; try done.
  - intros j. by rewrite Hm.
  - intros j Hj. apply Hfr. by intros ->.
  - intros j Hj Hne. auto.
  - intros HQ j Hj. split; [by apply Ht|]. apply Hfr. intros ->.
    apply (NoDup_app (m_queued b)) in Hj; done.
Qed.

Lemma stalled_step h b k t : inv h b -> transfers h !! k = Some t -> m_block t <> None -> k ∈ members b ->
  0 <= m_stall t < 2 ^ 32 - 1 ->
  exists h' b', stalled_transfer h b k = Ok (h', b') /\ block_step k h b h' b' /\
    transfers h' !! k = Some (set_stall t (m_stall t + 1)) /\ m_queued b' = m_queued b /\ m_transfers b' = m_transfers b.
Proof.
  intros Hi Hk Hb Hin Hs. destruct (stalled_inv h b k t Hi Hk Hb Hin Hs) as (h' & b' & E & Hi').
  exists h', b'. split; [done|]. unfold stalled_transfer, get in E. rewrite Hk in E. res_simpl. apply bind_ok in E as (b1 & E1 & E).
  injection E as <- <-. assert (E2 : (self b1 = self b /\ b_state b1 = b_state b) /\ m_queued b1 = m_queued b /\ m_transfers b1 = m_transfers b).
  { destruct (m_stall t =? 0); res_inv; done. }
  destruct E2 as ([E2 E2'] & E3 & E4). split; [|split; [|done]].
  - eapply (step_at k); try done; unfold members; rewrite ?E3, ?E4; try done. apply (wf_nodup h), Hi.
  - simpl. rewrite lookup_insert_eq, u32_small by lia. done.
Qed.

Lemma transfering_step h b k t : inv h b -> k ∈ m_queued b -> transfers h !! k = Some t ->
  exists r h' b' s, transfering h b k = Ok (r, h', b') /\ block_step k h b h' b' /\
    transfers h' !! k = Some (set_state t s) /\ k ∈ m_transfers b'.
Proof.
  intros Hi HQ Hk. destruct (transfering_inv h b k Hi HQ) as (r & h' & b' & E & Hi').
  exists r, h', b'. pose proof E as E0. unfold transfering, get in E. rewrite Hk in E. res_simpl. apply bind_ok in E as (? & _ & E).
  apply bind_ok in E as (? & _ & E).
  assert (exists s, transfers h' = <[k := set_state t s]> (transfers h) /\ (self b' = self b /\ b_state b' = b_state b) /\
    m_queued b' = List.remove Nat.eq_dec k (m_queued b) /\ m_transfers b' = m_transfers b ++ [k]) as (s & Eh & [Es Es'] & Eq & Et).
  { cbn [with_lists m_leader] in E. destruct (m_leader b); injection E as <- <- <-; by eexists. }
  exists s. split; [done|]. split; [|split; [by rewrite Eh, lookup_insert_eq|rewrite Et; apply elem_of_app; right; by apply list_elem_of_singleton]].
  eapply (step_at k); try done; unfold members; rewrite ?Eq, ?Et.
  - apply (wf_nodup h), Hi.
  - apply elem_of_app. by left.
  - intros j. rewrite !elem_of_app, elem_of_remove, list_elem_of_singleton. destruct (decide (j = k)) as [->|]; tauto.
  - intros j Hj Hne. by apply elem_of_remove.
  - intros j Hj. apply elem_of_app. by left.
Qed.

(** A transfer found dissimilar.  The block counts it as stalled from then on,
    whether it is or not. *)
Definition dissimilar_transfer (t : BlockTransfer) : BlockTransfer := set_block (set_position (set_state t STATE_ERASED) 0) None.
Definition counted_stall (t : BlockTransfer) : BlockTransfer := if m_stall t =? 0 then set_stall t 1 else t.

Lemma dissimilar_step h b k t : inv h b -> transfers h !! k = Some t -> k ∈ members b ->
  m_state t = STATE_NOT_LEADER -> m_block t <> None -> 0 <= m_stall t < 2 ^ 32 - 1 ->
  exists b', transfer_dissimilar h b k = Ok (put h k (dissimilar_transfer t), b') /\
    block_step k h b (put h k (counted_stall (dissimilar_transfer t))) b' /\ m_queued b' = m_queued b /\ m_transfers b' = m_transfers b.
Proof.
  intros Hi Hk Hin Hst Hb Hs. pose proof Hi as [Hok Hw].
  assert (E : exists b', transfer_dissimilar h b k = Ok (put h k (dissimilar_transfer t), b') /\
    b' = with_stalled b (u32 (m_notStalled b - b2z (m_stall t =? 0)))).
  { unfold transfer_dissimilar, get, is_not_leader. rewrite Hk. res_simpl. rewrite Hst.
    destruct (valid_place h b k t Hw Hk Hb Hin) as (_ & _ & [(_ & _ & ? & _)|(_ & _ & [[_ ?]|(Hnl & _)])]); [congruence|congruence|].
    rewrite bool_decide_eq_true_2, bool_decide_eq_false_2 by done. res_simpl. by eexists. }
  destruct E as (b' & E & Eb). exists b'. split; [done|]. rewrite Eb. split; [|done].
  assert (Hi' : inv (put h k (counted_stall (dissimilar_transfer t))) (with_stalled b (u32 (m_notStalled b - b2z (m_stall t =? 0))))).
  { unfold counted_stall. cbn [dissimilar_transfer m_stall set_block set_position set_state]. destruct (Z.eqb_spec (m_stall t) 0) as [E0|E0].
    - destruct (stalled_inv h b k t Hi Hk Hb Hin) as (h1 & b1 & E1 & Hi1); [lia|].
      unfold stalled_transfer, get in E1. rewrite Hk in E1. res_simpl. rewrite E0 in E1. cbn [Z.eqb] in E1.
      pose proof (count_stall0_in (transfers h) k t (members b) Hk Hin E0) as Hc. pose proof (wf_count h b Hw) as Hn. pose proof (wf_width h b Hw) as Hn1.
      rewrite (proj2 (Z.eqb_neq (m_notStalled b) 0)) in E1 by lia. res_simpl. injection E1 as <- <-.
      destruct (dissimilar_inv _ _ k (set_stall t 1) Hi1) as (h2 & b2 & E2 & Hi2); try done; [by cbn; rewrite lookup_insert_eq|].
      unfold transfer_dissimilar, get in E2. cbn in E2. rewrite lookup_insert_eq in E2. res_simpl. apply bind_ok in E2 as (? & _ & E2). injection E2 as <- <-.
      cbn [b2z]. rewrite u32_small by lia. unfold with_stalled in Hi2 |- *. cbn [m_notStalled m_stall set_stall Z.eqb b2z] in Hi2. rewrite u32_small in Hi2 by lia.
      rewrite Z.sub_0_r in Hi2. unfold put, with_transfers in Hi2 |- *. cbn in Hi2 |- *. rewrite insert_insert_eq, u32_small in Hi2 by lia. exact Hi2.
    - destruct (dissimilar_inv h b k t Hi Hk Hin Hst Hb E0) as (h2 & b2 & E2 & Hi2). rewrite E in E2. injection E2 as <- <-.
      rewrite Eb in Hi2. destruct (Z.eqb_spec (m_stall t) 0); [done|exact Hi2]. }
  eapply (step_at k); try done. apply (wf_nodup h b Hw).
Qed.

(** ** The calls on a block *)

Inductive op :=
  | OpInsert (now : Z) (p : nat)
  | OpRelease (k : nat)
  | OpTransfering (k : nat)
  | OpReceived (k : nat) (bytes : Z)
  | OpStalled (k : nat)
  | OpChangeLeader (k : nat)
  | OpDissimilar (k : nat)
  | OpCompleted (k : nat)
  | OpFailed.

(** [OpCompleted] is the block's share of [completed], [OpFailed] what
    [BlockList::do_all_failed] does to a block. *)
Definition apply (o : op) (h : Heap) (b : Block) : res (Heap * Block) :=
  match o with
  | OpInsert now p => '(_, h, b) ← insert now h b p; Ok (h, b)
  | OpRelease k => release h b k
  | OpTransfering k => '(_, h, b) ← transfering h b k; Ok (h, b)
  | OpReceived k n => t ← get h k; Ok (put h k (adjust_position t n), b)
  | OpStalled k => stalled_transfer h b k
  | OpChangeLeader k => change_leader h b k
  | OpDissimilar k => transfer_dissimilar h b k
  | OpCompleted k => _ ← completed_checks h b k; completed_rest h b k
  | OpFailed => b ← failed_leader h b; Ok (h, retry_transfer b)
  end.

Definition at_block (h : Heap) (b : Block) (k : nat) (P : BlockTransfer -> Prop) : Prop :=
  exists t, transfers h !! k = Some t /\ k ∈ members b /\ m_block t <> None /\ P t.

(** What the callers guarantee, from the code of the peer connections: blocks
    that are not finished get new requests, only the leader runs to the end
    of the block, and it is completed or released before that. *)
Definition op_ok (o : op) (h : Heap) (b : Block) : Prop :=
  match o with
  | OpInsert _ p =>
      is_finished h b = Ok false /\ counter_of h p < 2 ^ 32 - 1 /\ zlen (members b) < 2 ^ 32 - 1
  | OpRelease k => exists t, transfers h !! k = Some t /\
      ((m_block t = None /\ k ∉ members b) \/
       (m_block t = Some (self b) /\ k ∈ members b /\ BlockTransfer.is_finished t = false))
  | OpTransfering k => k ∈ m_queued b
  | OpReceived k n => at_block h b k (fun t =>
      m_leader b <> Some k -> BlockTransfer.is_finished (adjust_position t n) = false)
  | OpStalled k => at_block h b k (fun t => 0 <= m_stall t < 2 ^ 32 - 1)
  | OpChangeLeader k => at_block h b k (fun t => m_state t = STATE_NOT_LEADER) /\
      (exists l, m_leader b = Some l) /\ is_finished h b = Ok false
  | OpDissimilar k => at_block h b k (fun t => m_state t = STATE_NOT_LEADER /\ 0 <= m_stall t < 2 ^ 32 - 1)
  | OpCompleted k => m_leader b = Some k /\ b_state b = STATE_INCOMPLETE /\ is_finished h b = Ok true
  | OpFailed => b_state b = STATE_COMPLETED
  end.

(** A transfer that was found dissimilar before it had stalled: it is no
    longer in [m_notStalled], but its stall count is still zero.  But for that
    count the state is a valid one. *)
Definition miscounted (k : nat) (h : Heap) (b : Block) : Prop :=
  exists t, transfers h !! k = Some t /\ m_state t = STATE_ERASED /\ m_stall t = 0 /\
    inv (put h k (set_stall t 1)) b /\ ~ wf h b.

Lemma dissimilar_unstalled h b k t : inv h b -> transfers h !! k = Some t -> k ∈ members b ->
  m_state t = STATE_NOT_LEADER -> m_block t <> None -> m_stall t = 0 ->
  exists h' b', transfer_dissimilar h b k = Ok (h', b') /\ miscounted k h' b'.
Proof.
  intros Hi Hk Hin Hst Hb Hs. destruct (dissimilar_step h b k t Hi Hk Hin Hst Hb) as (b' & E & Hstep & EQ & ET); [lia|].
  do 2 eexists. split; [exact E|]. exists (dissimilar_transfer t). pose proof (bs_inv _ _ _ _ _ Hstep) as Hi'.
  unfold counted_stall in Hi'. cbn [dissimilar_transfer m_stall set_block set_position set_state] in Hi'. rewrite Hs in Hi'. cbn [Z.eqb] in Hi'.
  split_and!; [by cbn; rewrite lookup_insert_eq|done|done| |].
  - unfold put, with_transfers in *. cbn in *. by rewrite insert_insert_eq.
  - intros Hw'. pose proof (wf_count _ _ Hw') as Hn'. pose proof (wf_count _ _ (proj2 Hi')) as Hn.
    assert (Em : members b' = members b) by (unfold members; congruence). rewrite Em in *.
    pose proof (count_put (transfers (put h k (dissimilar_transfer t))) k (dissimilar_transfer t) (set_stall (dissimilar_transfer t) 1) (members b)) as Hc.
    cbn [put with_transfers transfers] in Hc, Hn, Hn'. rewrite insert_insert_eq, lookup_insert_eq in Hc.
    specialize (Hc eq_refl (wf_nodup h b (proj2 Hi)) Hin). cbn [m_stall set_stall dissimilar_transfer set_block set_position set_state] in Hc. rewrite Hs in Hc. cbn in Hc.
    rewrite Hn in Hn'. unfold dissimilar_transfer in *. lia.
Qed.

(** C1: every call on a block that its users may make returns: from a state of
    the invariant none of its internal errors and no access to a deleted
    transfer is reachable.  It keeps the invariant: a transfer is at most once
    in the block, exactly one of the started ones leads, the others match it or
    are marked as dissimilar, the finished leaders of earlier attempts are kept
    apart, [m_notStalled] counts the transfers that are not stalled, and every
    peer's transfer counter is the number of its live transfers.  There is one
    exception: a transfer found dissimilar that had not stalled leaves a state
    that is valid but for its stall count, which stays zero although the
    transfer is no longer counted, and the invariant is lost;
    [dissimilar_breaks_completed] shows what that leads to. *)
Theorem block_call_preserves (o : op) (h : Heap) (b : Block) :
  inv h b -> op_ok o h b -> exists h' b', apply o h b = Ok (h', b') /\
    match o with
    | OpDissimilar k => if stall0 (transfers h) k then miscounted k h' b' else inv h' b'
    | _ => inv h' b'
    end.
Proof.
  intros Hi Ho. destruct o as [now p|k|k|k n|k|k|k|k|]; cbn [apply op_ok] in *.
  - destruct Ho as (? & ? & ?). destruct (block_insert_inv now h b p) as (x & h' & b' & -> & ?); eauto.
  - destruct Ho as (t & Ht & Hc). by apply (release_inv h b k t).
  - destruct (transfering_inv h b k Hi Ho) as (x & h' & b' & -> & ?). eauto.
  - destruct Ho as (t & Ht & Hin & Hb & Hf). unfold get. rewrite Ht. res_simpl. do 2 eexists. split; [reflexivity|].
    by apply download_inv.
  - destruct Ho as (t & Ht & Hin & Hb & Hs). by apply (stalled_inv h b k t).
  - destruct Ho as ((t & Ht & Hin & Hb & Hs) & (l & Hl) & Hf). by apply (change_leader_inv h b k t l).
  - destruct Ho as (t & Ht & Hin & Hb & Hs & Hst). unfold stall0, test. rewrite Ht.
    destruct (Z.eqb_spec (m_stall t) 0); [by apply (dissimilar_unstalled h b k t)|by apply (dissimilar_inv h b k t)].
  - destruct Ho as (H1 & H2 & H3). destruct (completed_inv h b k Hi H1 H2 H3) as (-> & h' & b' & -> & ? & _). eauto.
  - destruct (failed_inv h b Hi Ho) as (b' & -> & ?). eauto.
Qed.

Definition empty_heap : Heap := mkHeap ∅ ∅ ∅ 0 [].
Definition sample_block : Block := new_block (7, 0%nat) (Piece.mkPiece 7 0 16384).

Lemma sample_block_inv : inv empty_heap sample_block.
Proof.
  split; [split|split]; try done.
  - intros k [t Hk]. simpl in Hk. by rewrite lookup_empty in Hk.
  - apply NoDup_nil_2.
  - exists [], []. split; [done|]. by split; [constructor|].
Qed.

Lemma block_call_preserves_witness :
  exists h' b', apply (OpInsert 0 1) empty_heap sample_block = Ok (h', b') /\ inv h' b' /\ m_queued b' = [0%nat].
Proof.
  destruct (block_call_preserves (OpInsert 0 1) empty_heap sample_block sample_block_inv) as (h' & b' & H1 & H2).
  - split; [reflexivity|]. split; reflexivity.
  - exists h', b'. split; [exact H1|]. split; [exact H2|]. vm_compute in H1. injection H1 as <- <-. reflexivity.
Defined.

(** A sequence of calls, each on the state the one before left. *)
Fixpoint run (l : list op) (h : Heap) (b : Block) : res (Heap * Block) :=
  match l with
  | [] => Ok (h, b)
  | o :: l => '(h, b) ← apply o h b; run l h b
  end.

(** A peer whose data differs from the leader's breaks the block.  Two
    peers transfer the same block, the second one's data is found dissimilar
    before it stalled, the leader receives the rest and completes:
    [transfer_dissimilar] has already taken the second transfer out of
    [m_notStalled] but leaves its stall count at zero, so [completed] takes it
    out once more and throws an internal error. *)
Theorem dissimilar_breaks_completed :
  exists h b, run [OpInsert 0 1; OpInsert 0 2; OpTransfering 0; OpTransfering 1; OpReceived 0 100;
                   OpDissimilar 1; OpReceived 0 16284] empty_heap sample_block = Ok (h, b) /\
    m_leader b = Some 0%nat /\ is_finished h b = Ok true /\
    apply (OpCompleted 0) h b = Throw internal_error.
Proof. eexists _, _. split; [vm_compute; reflexivity|]. split; [reflexivity|]. split; reflexivity. Qed.

End Block.
