(* ===== verification/TransferList.v ===== *)
(** * Pieces being downloaded (src/torrent/data/block_list.cc, block_list.h,
    transfer_list.cc, transfer_list.h)

    [BlockList] cuts a piece into blocks and counts the finished ones.
    [TransferList] holds the block lists of all pieces in progress and decides
    what happens to a piece when its hash check succeeds or fails.  The calls
    of its slots are a trace; the chunk is its bytes. *)

From S2P Require Import Prelude ProtocolBase Block.

Module BlockList.
Import BlockTransfer Block.

Inductive priority_enum := PRIORITY_OFF | PRIORITY_NORMAL | PRIORITY_HIGH.

#[global] Instance priority_eq_dec : EqDecision priority_enum.
Proof. solve_decision. Defined.

Record BlockList := mkBlockList {
  m_piece : Piece.Piece;
  m_priority : priority_enum;
  m_finished : Z;
  m_failed : Z;
  m_attempt : Z;
  m_bySeeder : bool;
  blocks : list Block
}.

Definition index (l : BlockList) : Z := Piece.m_index (m_piece l).
Definition size (l : BlockList) : Z := zlen (blocks l).
Definition is_all_finished (l : BlockList) : bool := m_finished l =? size l.

Definition with_blocks (l : BlockList) (bs : list Block) : BlockList :=
  mkBlockList (m_piece l) (m_priority l) (m_finished l) (m_failed l) (m_attempt l) (m_bySeeder l) bs.
Definition set_finished (l : BlockList) (n : Z) : BlockList :=
  mkBlockList (m_piece l) (m_priority l) n (m_failed l) (m_attempt l) (m_bySeeder l) (blocks l).
Definition inc_finished (l : BlockList) : BlockList := set_finished l (u32 (m_finished l + 1)).
Definition clear_finished (l : BlockList) : BlockList := set_finished l 0.
Definition inc_failed (l : BlockList) : BlockList :=
  mkBlockList (m_piece l) (m_priority l) (m_finished l) (u32 (m_failed l + 1)) (m_attempt l) (m_bySeeder l) (blocks l).
Definition set_attempt (l : BlockList) (a : Z) : BlockList :=
  mkBlockList (m_piece l) (m_priority l) (m_finished l) (m_failed l) a (m_bySeeder l) (blocks l).
Definition set_priority (l : BlockList) (p : priority_enum) : BlockList :=
  mkBlockList (m_piece l) p (m_finished l) (m_failed l) (m_attempt l) (m_bySeeder l) (blocks l).
Definition set_by_seeder (l : BlockList) (s : bool) : BlockList :=
  mkBlockList (m_piece l) (m_priority l) (m_finished l) (m_failed l) (m_attempt l) s (blocks l).

(** The constructor's loop: [todo] blocks of full length, then the last. *)
Fixpoint cut_blocks (idx blockLength last_length : Z) (todo i : nat) (offset : Z) : list Block :=
  match todo with
  | O => [new_block (idx, i) (Piece.mkPiece idx offset last_length)]
  | S todo =>
      new_block (idx, i) (Piece.mkPiece idx offset blockLength) ::
      cut_blocks idx blockLength last_length todo (S i) (u32 (offset + blockLength))
  end.

Definition new_block_list (p : Piece.Piece) (blockLength : Z) : res BlockList :=
  let len := Piece.m_length p in
  _ ← throw_when (len =? 0) internal_error;
  _ ← ub_when (blockLength =? 0);
  let n := u32 (len + blockLength - 1) / blockLength in
  _ ← ub_when (n =? 0);
  let last_length := if negb (len mod blockLength =? 0) then len mod blockLength else blockLength in
  Ok (mkBlockList p PRIORITY_OFF 0 0 0 false
        (cut_blocks (Piece.m_index p) blockLength last_length (Z.to_nat (n - 1)) 0 0)).

(** [std::count_if(..., is_finished)] *)
Fixpoint count_finished (h : Heap) (l : list Block) : res Z :=
  match l with
  | [] => Ok 0
  | b :: l => f ← is_finished h b; n ← count_finished h l; Ok (b2z f + n)
  end.

(** [std::all_of(..., is_finished)] *)
Fixpoint all_finished (h : Heap) (l : list Block) : res bool :=
  match l with
  | [] => Ok true
  | b :: l => f ← is_finished h b; if (f : bool) then all_finished h l else Ok false
  end.

(** [Block::completed] on the [i]-th block. *)
Definition completed (h : Heap) (l : BlockList) (i : nat) (k : nat) : res (bool * Heap * BlockList) :=
  b ← of_deref (blocks l !! i);
  _ ← completed_checks h b k;
  let l := inc_finished l in
  n ← count_finished h (blocks l);
  _ ← throw_when (u32 n <? m_finished l) internal_error;
  '(h, b) ← completed_rest h b k;
  let l := with_blocks l (<[i := b]> (blocks l)) in
  Ok (is_all_finished l, h, l).

Fixpoint all_failed_leader (h : Heap) (l : list Block) : res (list Block) :=
  match l with
  | [] => Ok []
  | b :: l => b ← failed_leader h b; l ← all_failed_leader h l; Ok (b :: l)
  end.

Definition do_all_failed (h : Heap) (l : BlockList) : res BlockList :=
  let l := set_attempt (clear_finished l) 0 in
  bs ← all_failed_leader h (blocks l);
  Ok (with_blocks l (List.map retry_transfer bs)).

(** The destructor runs the blocks' destructors. *)
Fixpoint destroy_blocks (h : Heap) (l : list Block) : res Heap :=
  match l with
  | [] => Ok h
  | b :: l => h ← Block.destroy h b; destroy_blocks h l
  end.

(** ** The blocks tile the piece *)

Lemma cut_blocks_lookup idx bl last todo i offset k :
  0 <= offset -> 0 < bl -> offset + (Z.of_nat todo + 1) * bl <= 2 ^ 32 ->
  cut_blocks idx bl last todo i offset !! k =
  if decide (k < todo)%nat then
    Some (new_block (idx, (i + k)%nat) (Piece.mkPiece idx (offset + Z.of_nat k * bl) bl))
  else if decide (k = todo) then
    Some (new_block (idx, (i + k)%nat) (Piece.mkPiece idx (offset + Z.of_nat k * bl) last))
  else None.
Proof.
  revert i offset k. induction todo as [|todo IH]; intros i offset k Ho Hb Hlt.
  - destruct k as [|k].
    + rewrite decide_False by lia. rewrite decide_True by done. simpl. by rewrite Nat.add_0_r, Z.add_0_r.
    + rewrite !decide_False by lia. done.
  - destruct k as [|k].
    + rewrite decide_True by lia. simpl. by rewrite Nat.add_0_r, Z.add_0_r.
    + cbn [cut_blocks]. rewrite lookup_cons.
      rewrite u32_small by nia. rewrite IH by nia. replace (S i + k)%nat with (i + S k)%nat by lia.
      replace (offset + bl + Z.of_nat k * bl) with (offset + Z.of_nat (S k) * bl) by lia.
      destruct (decide (k < todo)%nat); [by rewrite decide_True by lia|]. rewrite (decide_False (P := (S k < S todo)%nat)) by lia.
      destruct (decide (k = todo)); [by rewrite decide_True by lia|by rewrite decide_False by lia].
Qed.

Lemma cut_blocks_length idx bl last todo i offset : length (cut_blocks idx bl last todo i offset) = S todo.
Proof. revert i offset. induction todo; intros; simpl; [done|]. by rewrite IHtodo. Qed.

(** The shape of the list the constructor makes: block [i] starts at [i] times
    the block length and ends there or at the end of the piece. *)
Definition tiles (p : Piece.Piece) (bl : Z) (bs : list Block) : Prop :=
  (forall i b, bs !! i = Some b ->
     b = new_block (Piece.m_index p, i)
           (Piece.mkPiece (Piece.m_index p) (Z.of_nat i * bl) (Z.min bl (Piece.m_length p - Z.of_nat i * bl))) /\
     Z.of_nat i * bl < Piece.m_length p) /\
  (forall x, 0 <= x < Piece.m_length p -> exists b, bs !! Z.to_nat (x / bl) = Some b).

Lemma new_block_list_tiles (p : Piece.Piece) (blockLength : Z) :
  0 < Piece.m_length p -> 0 < blockLength -> Piece.m_length p + blockLength <= 2 ^ 32 ->
  exists l, new_block_list p blockLength = Ok l /\ tiles p blockLength (blocks l) /\
    m_finished l = 0 /\ m_attempt l = 0.
Proof.
  intros Hp Hb Hw. unfold new_block_list. set (len := Piece.m_length p) in *. set (bl := blockLength) in *.
  rewrite (proj2 (Z.eqb_neq len 0)), (proj2 (Z.eqb_neq bl 0)) by lia. res_simpl.
  rewrite u32_small by lia. set (n := (len + bl - 1) / bl).
  pose proof (Z.div_mod (len + bl - 1) bl ltac:(lia)) as Hdm. fold n in Hdm.
  pose proof (Z.mod_pos_bound (len + bl - 1) bl Hb) as Hmb.
  assert (Hn : 1 <= n) by nia. rewrite (proj2 (Z.eqb_neq n 0)) by lia. res_simpl.
  set (last := if negb (len mod bl =? 0) then _ else _). eexists. split; [reflexivity|]. cbn [blocks m_finished m_attempt].
  split; [|done]. assert (Hlast : last = len - (n - 1) * bl).
  { unfold last. pose proof (Z.div_mod len bl ltac:(lia)) as Hd. pose proof (Z.mod_pos_bound len bl Hb).
    destruct (Z.eqb_spec (len mod bl) 0) as [E|E]; cbn [negb].
    - assert (len / bl = n) by (apply (Z.div_unique_pos _ bl _ (bl - 1)); lia). lia.
    - assert (len / bl + 1 = n) by (apply (Z.div_unique_pos _ bl _ (len mod bl - 1)); lia). lia. }
  assert (Hlt : (n - 1) * bl < len /\ len <= (n - 1) * bl + bl) by lia.
  assert (Hto : Z.of_nat (Z.to_nat (n - 1)) = n - 1) by lia.
  split.
  - intros i b Hi. rewrite cut_blocks_lookup in Hi by nia. destruct (decide (i < Z.to_nat (n - 1))%nat) as [Hi1|Hi1].
    + injection Hi as <-. assert ((Z.of_nat i + 1) * bl <= (n - 1) * bl) by (apply Z.mul_le_mono_nonneg_r; lia).
      split; [|lia]. rewrite Z.add_0_l. do 2 f_equal. lia.
    + destruct (decide (i = Z.to_nat (n - 1))) as [->|]; [|done]. injection Hi as <-. rewrite Z.add_0_l, Hto.
      split; [|lia]. do 2 f_equal. lia.
  - intros x Hx. apply lookup_lt_is_Some_2. rewrite cut_blocks_length.
    assert (x / bl <= n - 1) by (apply Z.lt_succ_r, Z.div_lt_upper_bound; lia).
    pose proof (Z.div_pos x bl ltac:(lia) Hb). lia.
Qed.

(** A block list cuts its piece into blocks that cover it without gap or
    overlap: block [i] starts at [i] times the block length, none is empty or
    longer than the block length, the last ends with the piece, and every byte
    of the piece is in the block of its quotient.  The sum of piece and block
    length must fit in 32 bits. *)
Theorem block_list_tiles (p : Piece.Piece) (blockLength : Z) :
  0 < Piece.m_length p -> 0 < blockLength -> Piece.m_length p + blockLength <= 2 ^ 32 ->
  exists l, new_block_list p blockLength = Ok l /\ tiles p blockLength (blocks l) /\
    m_finished l = 0 /\ m_attempt l = 0.
Proof. apply new_block_list_tiles. Qed.

Lemma block_list_tiles_witness :
  exists l, new_block_list (Piece.mkPiece 7 0 40000) 16384 = Ok l /\
    tiles (Piece.mkPiece 7 0 40000) 16384 (blocks l) /\ m_finished l = 0 /\ m_attempt l = 0.
Proof. apply (block_list_tiles (Piece.mkPiece 7 0 40000) 16384); simpl; lia. Defined.

(** ** Counting the finished blocks *)

Definition done_block (b : Block) : bool := bool_decide (b_state b = STATE_COMPLETED).
Definition fin_block (h : Heap) (b : Block) : bool :=
  match m_leader b with Some k => test (transfers h) BlockTransfer.is_finished k | None => false end.

Lemma is_finished_fin h b : wf h b -> is_finished h b = Ok (fin_block h b).
Proof.
  intros Hw. unfold is_finished, fin_block, test, get. destruct (m_leader b) as [k|] eqn:El; [|done].
  destruct (wf_shape h b Hw) as (olds & act & _ & _ & Hs). unfold shape in Hs. rewrite El in Hs.
  destruct (b_state b); [destruct Hs as (_ & (t & -> & _) & _)|destruct Hs as (_ & _ & _ & t & -> & _)|done]; done.
Qed.

Lemma done_is_fin h b : wf h b -> done_block b = true -> fin_block h b = true.
Proof.
  intros Hw Hd. apply bool_decide_eq_true_1 in Hd. destruct (wf_shape h b Hw) as (olds & act & _ & _ & Hs).
  unfold shape in Hs. rewrite Hd in Hs. unfold fin_block, test. destruct (m_leader b); [|done].
  by destruct Hs as (_ & _ & _ & t & -> & ?).
Qed.

Lemma count_finished_ok h bs : Forall (wf h) bs ->
  count_finished h bs = Ok (Z.of_nat (count (fin_block h) bs)).
Proof.
  induction 1 as [|b bs Hb Hbs IH]; [done|]. simpl. rewrite (is_finished_fin h b Hb). res_simpl. rewrite IH. res_simpl.
  rewrite count_cons. f_equal. destruct (fin_block h b); simpl; lia.
Qed.

(** [m_finished] is the number of completed blocks. *)
Record list_ok (h : Heap) (l : BlockList) : Prop := {
  list_blocks : Forall (wf h) (blocks l);
  list_finished : m_finished l = Z.of_nat (count done_block (blocks l));
  list_width : size l < 2 ^ 32
}.

(** When the leader of a block has received all of it, [completed] returns,
    counts the block, and reports that the piece is done exactly when every
    block of the piece is completed. *)
Theorem completed_counts (h : Heap) (l : BlockList) (i k : nat) (b : Block) :
  heap_ok h -> list_ok h l -> blocks l !! i = Some b -> m_leader b = Some k ->
  b_state b = STATE_INCOMPLETE -> is_finished h b = Ok true ->
  exists r h' l', completed h l i k = Ok (r, h', l') /\ heap_ok h' /\
    (exists b', blocks l' = <[i := b']> (blocks l) /\ wf h' b' /\ b_state b' = STATE_COMPLETED) /\
    m_finished l' = Z.of_nat (count done_block (blocks l')) /\
    (r = true <-> Forall (fun b => b_state b = STATE_COMPLETED) (blocks l')).
Proof.
  intros Hok [Hbs Hf Hsz] Hi El Ei Hfin. unfold completed. rewrite Hi. res_simpl.
  assert (Hb : wf h b) by (rewrite Forall_forall in Hbs; apply Hbs; by eapply list_elem_of_lookup_2).
  destruct (completed_inv h b k (conj Hok Hb) El Ei Hfin) as (-> & h' & b' & E & [Hok' Hw'] & Eb'). res_simpl.
  cbn [inc_finished set_finished blocks m_finished]. rewrite (count_finished_ok h (blocks l) Hbs). res_simpl.
  assert (Hdb : done_block b = false) by (unfold done_block; rewrite Ei; done).
  assert (Hdb' : done_block b' = true) by (by apply bool_decide_eq_true_2).
  assert (Hfb : fin_block h b = true) by (rewrite (is_finished_fin h b Hb) in Hfin; congruence).
  assert (Hlt : (count done_block (blocks l) < count (fin_block h) (blocks l))%nat).
  { apply list_elem_of_split_length in Hi as (l1 & l2 & E2 & _). rewrite E2 in *. rewrite !count_app, !count_cons, Hdb, Hfb.
    apply Forall_app in Hbs as [H1 [_ H2]%Forall_cons].
    assert (Hm : forall x, Forall (wf h) x -> (count done_block x <= count (fin_block h) x)%nat).
    { intros x Hx. apply count_impl. eapply Forall_impl; [exact Hx|]. intros a Ha. by apply done_is_fin. }
    pose proof (Hm l1 H1). pose proof (Hm l2 H2). lia. }
  pose proof (count_le (fin_block h) (blocks l)) as Hle. unfold size, zlen in *. rewrite Hf.
  rewrite !u32_small by lia.
  rewrite (proj2 (Z.ltb_ge (Z.of_nat (count (fin_block h) (blocks l))) (Z.of_nat (count done_block (blocks l)) + 1))) by lia.
  res_simpl. rewrite E. res_simpl.
  do 3 eexists. split; [reflexivity|]. split; [done|]. cbn [with_blocks blocks m_finished].
  pose proof (count_insert done_block (blocks l) i b b' Hi) as Hci. rewrite Hdb, Hdb' in Hci.
  split; [by exists b'|].
  assert (Em : m_finished (inc_finished l) = Z.of_nat (count done_block (<[i:=b']> (blocks l))))
    by (cbn [inc_finished set_finished m_finished]; rewrite Hf, u32_small; lia).
  split; [done|].
  unfold is_all_finished, size, zlen. cbn [with_blocks m_finished blocks]. rewrite Em, Z.eqb_eq, length_insert.
  transitivity (count done_block (<[i:=b']> (blocks l)) = length (<[i:=b']> (blocks l))).
  - rewrite length_insert. lia.
  - rewrite count_true_all. split; intros Hx; (eapply Forall_impl; [exact Hx|]); intros a;
      unfold done_block; by rewrite bool_decide_eq_true.
Qed.

(** One block, received in full by peer 1. *)
Definition full_transfer : BlockTransfer :=
  mkBlockTransfer (Some 1%nat) (Some (7, 0%nat)) (Piece.mkPiece 7 0 16384) STATE_LEADER 0 16384 0 (2 ^ 32 - 1).
Definition full_heap : Heap := mkHeap {[0%nat := full_transfer]} {[1%nat := 1]} ∅ 1 [].
Definition full_block : Block :=
  mkBlock (7, 0%nat) (Piece.mkPiece 7 0 16384) STATE_INCOMPLETE 1 [] [0%nat] (Some 0%nat) None.
Definition full_list : BlockList := mkBlockList (Piece.mkPiece 7 0 16384) PRIORITY_NORMAL 0 0 0 false [full_block].

Lemma full_heap_ok : heap_ok full_heap.
Proof.
  split.
  - intros k [t Hk]. unfold full_heap in Hk. cbn [transfers] in Hk.
    apply lookup_singleton_Some in Hk as [<- _]. simpl. lia.
  - intros p. change (transfers full_heap) with (<[0%nat := full_transfer]> (∅ : gmap nat BlockTransfer)).
    rewrite peer_count_new by apply lookup_empty. unfold peer_count, peer_is, counter_of. rewrite map_filter_empty.
    cbn [full_heap counter full_transfer m_peer_info]. destruct (decide (p = 1%nat)) as [->|Hne].
    + by rewrite lookup_singleton_eq, decide_True.
    + rewrite lookup_singleton_ne by done. by rewrite decide_False by congruence.
Qed.

Lemma full_list_ok : list_ok full_heap full_list.
Proof.
  split; [|reflexivity|reflexivity]. constructor; [|constructor]. split; try done.
  - apply NoDup_singleton.
  - exists [], [0%nat]. split; [done|]. split; [constructor|]. split; [by apply list_elem_of_singleton|]. split.
    + by exists full_transfer.
    + by intros j ->%list_elem_of_singleton.
Qed.

Lemma completed_counts_witness :
  exists h' l', completed full_heap full_list 0 0 = Ok (true, h', l') /\ heap_ok h' /\ m_finished l' = 1.
Proof.
  destruct (completed_counts full_heap full_list 0 0 full_block full_heap_ok full_list_ok) as (r & h' & l' & H1 & H2 & _ & H4 & _);
    try reflexivity.
  exists h', l'. vm_compute in H1. injection H1 as <- <- <-. split; [reflexivity|]. split; [exact H2|reflexivity].
Defined.

End BlockList.

(** ** The bytes of a chunk (src/data/chunk.cc) *)
Module ChunkData.

(** [position + length > m_chunkSize], computed at 32 bits. *)
Definition out_of_chunk (c : list Z) (position length : Z) : bool := zlen c <? u32 (position + length).

Definition slice (c : list Z) (position length : Z) : list Z :=
  take (Z.to_nat length) (drop (Z.to_nat position) c).
Definition splice (c : list Z) (position : Z) (bytes : list Z) : list Z :=
  take (Z.to_nat position) c ++ bytes ++ drop (Z.to_nat position + length bytes) c.

Definition to_buffer (c : list Z) (position length : Z) : res (list Z) :=
  _ ← throw_when (out_of_chunk c position length) internal_error;
  Ok (slice c position length).
Definition from_buffer (c : list Z) (bytes : list Z) (position length : Z) : res (list Z) :=
  _ ← throw_when (out_of_chunk c position length) internal_error;
  _ ← ub_when (zlen bytes <? length);
  Ok (splice c position (take (Z.to_nat length) bytes)).
Definition compare_buffer (c : list Z) (bytes : list Z) (position length : Z) : res bool :=
  _ ← throw_when (out_of_chunk c position length) internal_error;
  _ ← ub_when (zlen bytes <? length);
  Ok (bool_decide (slice c position length = take (Z.to_nat length) bytes)).

Lemma length_splice c position bytes : 0 <= position -> position + zlen bytes <= zlen c ->
  length (splice c position bytes) = length c.
Proof. unfold splice, zlen. intros H1 H2. rewrite !length_app, length_take, length_drop. lia. Qed.

Lemma slice_splice_same c position bytes : 0 <= position -> position + zlen bytes <= zlen c ->
  slice (splice c position bytes) position (zlen bytes) = bytes.
Proof.
  unfold slice, splice, zlen. intros H1 H2. rewrite drop_app_length' by (rewrite length_take; lia).
  by rewrite take_app_length' by lia.
Qed.

Lemma slice_lookup c p n i : slice c p n !! i = if decide (i < Z.to_nat n)%nat then c !! (Z.to_nat p + i)%nat else None.
Proof.
  unfold slice. destruct (decide (i < Z.to_nat n)%nat); [by rewrite lookup_take_lt, lookup_drop|by rewrite lookup_take_ge by lia].
Qed.

Lemma slice_splice_other c position bytes p n : 0 <= position -> position + zlen bytes <= zlen c ->
  0 <= p -> p + n <= position \/ position + zlen bytes <= p ->
  slice (splice c position bytes) p n = slice c p n.
Proof.
  unfold zlen. intros H1 H2 H3 H4. apply list_eq. intros i. rewrite !slice_lookup.
  destruct (decide (i < Z.to_nat n)%nat) as [Hi|]; [|done]. unfold splice.
  destruct (decide (Z.to_nat p + i < Z.to_nat position)%nat) as [Hlt|Hge].
  - rewrite lookup_app_l by (rewrite length_take; lia). by rewrite lookup_take_lt.
  - rewrite lookup_app_r by (rewrite length_take; lia). rewrite length_take, Nat.min_l by lia.
    rewrite lookup_app_r by lia. rewrite lookup_drop. f_equal. lia.
Qed.

End ChunkData.

Module TransferList.
Import BlockTransfer Block BlockList ChunkData.

(** The calls of the slots, oldest first. *)
Inductive slot_call :=
  | SlotCanceled (index : Z)
  | SlotCompleted (index : Z)
  | SlotQueued (index : Z)
  | SlotCorrupt (peer : option nat).

Record TransferList := mkTransferList {
  lists : list BlockList;
  m_completedList : list (Z * Z);
  m_succeededCount : Z;
  m_failedCount : Z;
  slots : list slot_call
}.

Definition with_lists (tl : TransferList) (ls : list BlockList) : TransferList :=
  mkTransferList ls (m_completedList tl) (m_succeededCount tl) (m_failedCount tl) (slots tl).
Definition call (tl : TransferList) (c : slot_call) : TransferList :=
  mkTransferList (lists tl) (m_completedList tl) (m_succeededCount tl) (m_failedCount tl) (slots tl ++ [c]).
Definition calls (tl : TransferList) (cs : list slot_call) : TransferList := fold_left call cs tl.
Definition set_list (tl : TransferList) (i : nat) (l : BlockList) : TransferList :=
  with_lists tl (<[i := l]> (lists tl)).

(** The position of the first list of a piece, [None] for [end()]. *)
Fixpoint find_from (ls : list BlockList) (i : nat) (idx : Z) : option nat :=
  match ls with
  | [] => None
  | l :: ls => if idx =? index l then Some i else find_from ls (S i) idx
  end.
Definition find (tl : TransferList) (idx : Z) : option nat := find_from (lists tl) 0 idx.

Fixpoint destroy_lists (h : Heap) (ls : list BlockList) : res Heap :=
  match ls with
  | [] => Ok h
  | l :: ls => h ← destroy_blocks h (blocks l); destroy_lists h ls
  end.

Definition clear (h : Heap) (tl : TransferList) : res (Heap * TransferList) :=
  let tl := calls tl (List.map (fun l => SlotCanceled (index l)) (lists tl)) in
  h ← destroy_lists h (lists tl);
  Ok (h, with_lists tl []).

Definition insert (tl : TransferList) (p : Piece.Piece) (blockSize : Z) : res (nat * TransferList) :=
  _ ← throw_when (match find tl (Piece.m_index p) with Some _ => true | None => false end) internal_error;
  l ← new_block_list p blockSize;
  let tl := call tl (SlotQueued (Piece.m_index p)) in
  Ok (length (lists tl), with_lists tl (lists tl ++ [l])).

Definition erase (h : Heap) (tl : TransferList) (itr : option nat) : res (Heap * TransferList) :=
  match itr with
  | None => Throw internal_error
  | Some i =>
      l ← of_deref (lists tl !! i);
      h ← destroy_blocks h (blocks l);
      Ok (h, with_lists tl (delete i (lists tl)))
  end.

(** The block list of a transfer's block and the block's position in it. *)
Definition list_of (tl : TransferList) (a : Z * nat) : res (nat * BlockList) :=
  i ← of_deref (find tl (fst a));
  l ← of_deref (lists tl !! i);
  Ok (i, l).

Definition finished (h : Heap) (tl : TransferList) (k : nat) : res (Heap * TransferList) :=
  t ← get h k;
  match m_block t with
  | None => Throw internal_error
  | Some a =>
      '(i, l) ← list_of tl a;
      '(all, h, l) ← completed h l (snd a) k;
      let tl := set_list tl i l in
      Ok (h, if (all : bool) then call tl (SlotCompleted (index l)) else tl)
  end.

(** [std::find_if(..., transfer_list_compare_data)]: the position of the
    version that is in the chunk, the length of the list for [end()]. *)
Fixpoint find_data (c : list Z) (p : Piece.Piece) (es : list (list Z * Z)) : res nat :=
  match es with
  | [] => Ok O
  | (data, _) :: es =>
      same ← compare_buffer c data (Piece.m_offset p) (Piece.m_length p);
      if (same : bool) then Ok O else n ← find_data c p es; Ok (S n)
  end.

(** One turn of [update_failed]: the block's new record of versions and
    whether a version was promoted. *)
Definition update_failed_block (c : list Z) (b : Block) : res (bool * nat * BlockFailed.BlockFailed) :=
  let f := match m_failedList b with Some f => f | None => BlockFailed.new_failed end in
  i ← find_data c (b_piece b) (BlockFailed.entries f);
  match BlockFailed.entries f !! i with
  | None =>
      data ← to_buffer c (Piece.m_offset (b_piece b)) (Piece.m_length (b_piece b));
      Ok (false, i, BlockFailed.mkBlockFailed (BlockFailed.entries f ++ [(data, 1)]) (Z.of_nat i))
  | Some (data, n) =>
      '(_, m) ← of_deref (BlockFailed.entries f !! BlockFailed.max_element f);
      let promoted := (m =? n) && negb (bool_decide (BlockFailed.reverse_max_element f = Some (BlockFailed.max_element f))) in
      Ok (promoted, i, BlockFailed.mkBlockFailed (<[i := (data, u32 (n + 1))]> (BlockFailed.entries f)) (Z.of_nat i))
  end.

Fixpoint update_failed_blocks (h : Heap) (c : list Z) (bs : list Block) : res (Z * Heap * list Block) :=
  match bs with
  | [] => Ok (0, h, [])
  | b :: bs =>
      '(p, i, f) ← update_failed_block c b;
      k ← of_deref (m_leader b);
      t ← get h k;
      let h := put h k (set_failed_index t (u32 (Z.of_nat i))) in
      '(n, h, bs) ← update_failed_blocks h c bs;
      Ok (b2z p + n, h, set_failed_list b (Some f) :: bs)
  end.

Definition update_failed (h : Heap) (l : BlockList) (c : list Z) : res (Z * Heap * BlockList) :=
  let l := inc_failed l in
  '(n, h, bs) ← update_failed_blocks h c (blocks l);
  Ok (n, h, with_blocks l bs).

(** The peers of the versions that are not in the chunk, each once; the order
    of the calls is that of the set of pointers in the code. *)
Fixpoint bad_of (h : Heap) (current : Z) (ts : list nat) : res (list (option nat)) :=
  match ts with
  | [] => Ok []
  | k :: ts =>
      t ← get h k;
      r ← bad_of h current ts;
      Ok (if negb (m_failedIndex t =? current) && negb (m_failedIndex t =? 2 ^ 32 - 1)
          then m_peer_info t :: r else r)
  end.

Fixpoint mark_blocks (h : Heap) (c : list Z) (bs : list Block) : res (list (option nat) * list Block) :=
  match bs with
  | [] => Ok ([], [])
  | b :: bs =>
      f ← of_deref (m_failedList b);
      i ← find_data c (b_piece b) (BlockFailed.entries f);
      bad ← bad_of h (Z.of_nat i) (m_transfers b);
      '(bads, bs) ← mark_blocks h c bs;
      Ok (bad ++ bads, set_failed_list b (Some (BlockFailed.set_current f (Z.of_nat i))) :: bs)
  end.

Definition mark_failed_peers (h : Heap) (tl : TransferList) (i : nat) (c : list Z) : res TransferList :=
  l ← of_deref (lists tl !! i);
  '(bad, bs) ← mark_blocks h c (blocks l);
  Ok (calls (set_list tl i (with_blocks l bs)) (List.map SlotCorrupt (remove_dups bad))).

(** The first loop: the peer of the first transfer there is, and the blocks
    that are left. *)
Fixpoint first_peer (h : Heap) (bs : list Block) : res (option nat * list Block) :=
  match bs with
  | [] => Ok (None, [])
  | b :: bs =>
      match m_transfers b with
      | k :: _ => t ← get h k; Ok (m_peer_info t, bs)
      | [] => first_peer h bs
      end
  end.

Fixpoint same_peer (h : Heap) (p : option nat) (ts : list nat) : res bool :=
  match ts with
  | [] => Ok true
  | k :: ts => t ← get h k; if bool_decide (m_peer_info t = p) then same_peer h p ts else Ok false
  end.
Fixpoint all_same_peer (h : Heap) (p : option nat) (bs : list Block) : res bool :=
  match bs with
  | [] => Ok true
  | b :: bs => s ← same_peer h p (m_transfers b); if (s : bool) then all_same_peer h p bs else Ok false
  end.

Definition mark_and_disconnect_if_single_peer (h : Heap) (tl : TransferList) (i : nat) : res TransferList :=
  l ← of_deref (lists tl !! i);
  '(p, rest) ← first_peer h (blocks l);
  s ← all_same_peer h p rest;
  if (s : bool) then
    match p with Some _ => Ok (call tl (SlotCorrupt p)) | None => Ok tl end
  else Ok tl.

(** One turn of [retry_most_popular]: the chunk and the block's versions. *)
Definition retry_block (c : list Z) (b : Block) : res (list Z * Block) :=
  f ← of_deref (m_failedList b);
  match BlockFailed.reverse_max_element f with
  | None => Throw internal_error
  | Some i =>
      if Z.of_nat i =? BlockFailed.m_current f then Ok (c, b)
      else
        '(data, _) ← of_deref (BlockFailed.entries f !! i);
        c ← from_buffer c data (Piece.m_offset (b_piece b)) (Piece.m_length (b_piece b));
        Ok (c, set_failed_list b (Some (BlockFailed.set_current f (Z.of_nat i))))
  end.

Fixpoint retry_blocks (c : list Z) (bs : list Block) : res (list Z * list Block) :=
  match bs with
  | [] => Ok (c, [])
  | b :: bs =>
      '(c, b) ← retry_block c b;
      '(c, bs) ← retry_blocks c bs;
      Ok (c, b :: bs)
  end.

Definition retry_most_popular (tl : TransferList) (i : nat) (c : list Z) : res (list Z * TransferList) :=
  l ← of_deref (lists tl !! i);
  '(c, bs) ← retry_blocks c (blocks l);
  Ok (c, call (set_list tl i (with_blocks l bs)) (SlotCompleted (index l))).

Definition hash_failed (h : Heap) (tl : TransferList) (idx : Z) (c : list Z)
    : res (Heap * TransferList * list Z) :=
  match find tl idx with
  | None => Throw internal_error
  | Some i =>
      l ← of_deref (lists tl !! i);
      f ← all_finished h (blocks l);
      _ ← throw_when (negb f) internal_error;
      let tl := mkTransferList (lists tl) (m_completedList tl) (m_succeededCount tl)
                  (u32 (m_failedCount tl + 1)) (slots tl) in
      tl ← mark_and_disconnect_if_single_peer h tl i;
      '(retry, h, l) ←
        (if m_attempt l =? 0 then
           '(promoted, h, l) ← update_failed h l c;
           Ok ((0 <? promoted) || (promoted <? size l), h, l)
         else Ok (false, h, l));
      if (retry : bool) then
        '(c, tl) ← retry_most_popular (set_list tl i (set_attempt l 1)) i c;
        Ok (h, tl, c)
      else
        l ← do_all_failed h l;
        Ok (h, set_list tl i l, c)
  end.

(** The entries older than the limit at the front are dropped. *)
Fixpoint drop_old (limit : Z) (l : list (Z * Z)) : list (Z * Z) :=
  match l with
  | [] => []
  | (t, i) :: l' => if limit <=? t then l else drop_old limit l'
  end.

Definition minutes (n : Z) : Z := n * 60 * 1000000.

(** [now] in microseconds; an unknown index dereferences [end()]. *)
Definition hash_succeeded (now : Z) (h : Heap) (tl : TransferList) (idx : Z) (c : list Z)
    : res (Heap * TransferList) :=
  i ← of_deref (find tl idx);
  l ← of_deref (lists tl !! i);
  f ← all_finished h (blocks l);
  _ ← throw_when (negb f) internal_error;
  tl ← (if negb (m_failed l =? 0) then mark_failed_peers h tl i c else Ok tl);
  let completed := m_completedList tl ++ [(now, idx)] in
  let completed :=
    match completed with
    | (t, _) :: _ => if t + minutes 60 <? now then drop_old (now - minutes 30) completed else completed
    | [] => completed
    end in
  let tl := mkTransferList (lists tl) completed (u32 (m_succeededCount tl + 1)) (m_failedCount tl) (slots tl) in
  erase h tl (Some i).

(** ** The versions of a block *)

Definition off (b : Block) : Z := Piece.m_offset (b_piece b).
Definition len (b : Block) : Z := Piece.m_length (b_piece b).
Definition data_of (c : list Z) (b : Block) : list Z := slice c (off b) (len b).

(** The block lies in the chunk. *)
Definition in_chunk (c : list Z) (b : Block) : Prop := 0 <= off b /\ 0 <= len b /\ off b + len b <= zlen c.
(** The recorded versions have the length of the block. *)
Definition record_ok (b : Block) (f : BlockFailed.BlockFailed) : Prop :=
  Forall (fun e : list Z * Z => zlen e.1 = len b) (BlockFailed.entries f).
(** The current version is the one in the chunk. *)
Definition holds (c : list Z) (b : Block) (f : BlockFailed.BlockFailed) : Prop :=
  exists i n, BlockFailed.m_current f = Z.of_nat i /\ BlockFailed.entries f !! i = Some (data_of c b, n).

(** [i] is the last of the most often seen versions. *)
Definition most_popular (f : BlockFailed.BlockFailed) (i : nat) (data : list Z) : Prop :=
  exists n, BlockFailed.entries f !! i = Some (data, n) /\
    forall j e, BlockFailed.entries f !! j = Some e -> e.2 <= n /\ (e.2 = n -> (j <= i)%nat).

Lemma max_from_spec l : forall best bc i pre, (best < i)%nat -> length pre = i ->
  (exists d, pre !! best = Some (d, bc)) ->
  (forall j e, pre !! j = Some e -> e.2 <= bc /\ (e.2 = bc -> (best <= j)%nat)) ->
  let r := BlockFailed.max_from best bc i l in
  exists d c, (pre ++ l) !! r = Some (d, c) /\
    forall j e, (pre ++ l) !! j = Some e -> e.2 <= c /\ (e.2 = c -> (r <= j)%nat).
Proof.
  induction l as [|[d c] l IH]; intros best bc i pre Hlt Hlen [d0 Hb] Hmax; simpl.
  { rewrite app_nil_r. by exists d0, bc. }
  assert (Ei : pre ++ (d, c) :: l = (pre ++ [(d, c)]) ++ l) by (by rewrite <- app_assoc). rewrite Ei.
  assert (Hl2 : length (pre ++ [(d, c)]) = S i) by (rewrite length_app; simpl; lia).
  destruct (Z.ltb_spec bc c) as [Hc|Hc]; apply IH; try lia; try done.
  - exists d. rewrite lookup_app_r by lia. by rewrite Hlen, Nat.sub_diag.
  - intros j e Hj. apply lookup_app_Some in Hj as [Hj|[Hge Hj]].
    + destruct (Hmax j e Hj). lia.
    + apply list_lookup_singleton_Some in Hj as [Hj <-]. simpl. lia.
  - exists d0. rewrite lookup_app_l by lia. done.
  - intros j e Hj. apply lookup_app_Some in Hj as [Hj|[Hge Hj]]; [by apply Hmax|].
    apply list_lookup_singleton_Some in Hj as [Hj <-]. simpl. lia.
Qed.

Lemma max_from_first d c l :
  let r := BlockFailed.max_from 0 c 1 l in
  exists d' m, ((d, c) :: l) !! r = Some (d', m) /\
    forall j e, ((d, c) :: l) !! j = Some e -> e.2 <= m /\ (e.2 = m -> (r <= j)%nat).
Proof.
  apply (max_from_spec l 0 c 1 [(d, c)]); simpl; [lia|done|by exists d|].
  intros j e Hj. destruct j; simpl in Hj; simplify_eq. simpl. lia.
Qed.

Lemma max_element_some f : BlockFailed.entries f <> [] ->
  is_Some (BlockFailed.entries f !! BlockFailed.max_element f).
Proof.
  unfold BlockFailed.max_element. destruct (BlockFailed.entries f) as [|[d c] l]; [done|]. intros _.
  destruct (max_from_first d c l) as (d' & m & -> & _). by eexists.
Qed.

Lemma reverse_max_popular f : BlockFailed.entries f <> [] ->
  exists i data, BlockFailed.reverse_max_element f = Some i /\ most_popular f i data.
Proof.
  unfold BlockFailed.reverse_max_element, most_popular. intros Hne. set (es := BlockFailed.entries f) in *.
  destruct (rev es) as [|[d c] l] eqn:Er.
  { exfalso. apply Hne. rewrite <- (rev_involutive es), Er. done. }
  assert (Hlen : length es = S (length l)) by (rewrite <- (length_rev es), Er; done).
  destruct (max_from_first d c l) as (d' & m & Hr & Hmax). set (r := BlockFailed.max_from 0 c 1 l) in *.
  rewrite <- Er in Hr, Hmax. pose proof (lookup_lt_Some _ _ _ Hr) as Hrl. rewrite length_rev in Hrl.
  assert (Hidx : forall j, (j < length es)%nat -> rev es !! j = es !! (length es - S j)%nat).
  { intros j Hj. rewrite List.rev_alt. by apply reverse_lookup. }
  exists (length es - 1 - r)%nat, d'. split; [done|]. exists m. split.
  - rewrite Hidx in Hr by done. rewrite <- Hr. f_equal. lia.
  - intros j e Hj. pose proof (lookup_lt_Some _ _ _ Hj) as Hjl.
    destruct (Hmax (length es - S j)%nat e) as [H1 H2].
    { rewrite Hidx by lia. replace (length es - S (length es - S j))%nat with j by lia. done. }
    split; [done|]. intros E. specialize (H2 E). lia.
Qed.

Lemma in_chunk_ok c b : in_chunk c b -> zlen c < 2 ^ 32 -> out_of_chunk c (off b) (len b) = false.
Proof. intros (H1 & H2 & H3) Hc. unfold out_of_chunk. rewrite u32_small by lia. apply Z.ltb_ge. lia. Qed.

Lemma data_length c b : in_chunk c b -> zlen (data_of c b) = len b.
Proof. intros (H1 & H2 & H3). unfold data_of, slice, zlen in *. rewrite length_take, length_drop. lia. Qed.

Lemma take_all (l : list Z) n : zlen l = n -> take (Z.to_nat n) l = l.
Proof. intros <-. unfold zlen. rewrite Nat2Z.id. apply firstn_all. Qed.

(** Looking for the chunk's data among versions of the right length. *)
Lemma find_data_ok c b es : in_chunk c b -> zlen c < 2 ^ 32 ->
  Forall (fun e : list Z * Z => zlen e.1 = len b) es ->
  exists i, find_data c (b_piece b) es = Ok i /\
    ((i = length es /\ es !! i = None) \/ exists n, es !! i = Some (data_of c b, n)).
Proof.
  intros Hin Hc. induction 1 as [|[d n] es Hd Hes IH]; simpl; [exists O; split; [done|by left]|].
  unfold compare_buffer. fold (off b) (len b). rewrite (in_chunk_ok c b Hin Hc). res_simpl. simpl in Hd.
  rewrite (proj2 (Z.ltb_ge (zlen d) (len b))) by lia. res_simpl. rewrite (take_all d (len b) Hd).
  case_bool_decide as E.
  - exists O. split; [done|]. right. exists n. simpl. by rewrite <- E.
  - destruct IH as (i & -> & Hi). res_simpl. exists (S i). split; [done|]. simpl.
    destruct Hi as [[-> ->]|[m ->]]; [by left|]. right. by exists m.
Qed.

(** Counting the data of the chunk as one more failure. *)
Lemma update_failed_block_ok c b : in_chunk c b -> zlen c < 2 ^ 32 ->
  (forall f, m_failedList b = Some f -> record_ok b f) ->
  exists p i f, update_failed_block c b = Ok (p, i, f) /\ record_ok b f /\ holds c b f /\
    (m_failedList b = None -> BlockFailed.entries f = [(data_of c b, 1)]).
Proof.
  intros Hin Hc Hrec. unfold update_failed_block.
  set (f := match m_failedList b with Some f => f | None => BlockFailed.new_failed end).
  assert (Hf : Forall (fun e : list Z * Z => zlen e.1 = len b) (BlockFailed.entries f)).
  { unfold f. destruct (m_failedList b) as [g|]; [by apply Hrec|constructor]. }
  assert (Hnone : m_failedList b = None -> BlockFailed.entries f = []) by (unfold f; by intros ->).
  destruct (find_data_ok c b (BlockFailed.entries f) Hin Hc Hf) as (i & -> & Hi). res_simpl.
  pose proof (data_length c b Hin) as Hdl. destruct Hi as [[Ei En]|[n En]]; rewrite En.
  - unfold to_buffer. fold (off b) (len b) (data_of c b). rewrite (in_chunk_ok c b Hin Hc). res_simpl.
    fold (data_of c b). do 3 eexists. split; [reflexivity|]. split; [|split].
    + apply Forall_app. split; [done|]. by constructor.
    + exists i, 1. split; [done|]. simpl. rewrite lookup_app_r by lia. by rewrite Ei, Nat.sub_diag.
    + intros E. simpl. by rewrite (Hnone E).
  - assert (Hne : BlockFailed.entries f <> []) by (intros E; by rewrite E in En).
    destruct (max_element_some f Hne) as [[d m] ->]. res_simpl. do 3 eexists. split; [reflexivity|]. split; [|split].
    + simpl. by apply Forall_insert.
    + exists i, (u32 (n + 1)). split; [done|]. simpl. apply list_lookup_insert_eq. by eapply lookup_lt_Some.
    + intros E. exfalso. by apply Hne, Hnone.
Qed.

Definition leads (h : Heap) (b : Block) : Prop := exists k, m_leader b = Some k /\ is_Some (transfers h !! k).

(** What [update_failed] makes of a block. *)
Definition counted (c : list Z) (b b' : Block) : Prop :=
  exists f, b' = set_failed_list b (Some f) /\ record_ok b f /\ holds c b f /\
    (m_failedList b = None -> BlockFailed.entries f = [(data_of c b, 1)]).

Lemma update_failed_blocks_ok c bs : zlen c < 2 ^ 32 -> forall h,
  Forall (in_chunk c) bs -> Forall (leads h) bs ->
  Forall (fun b => forall f, m_failedList b = Some f -> record_ok b f) bs ->
  exists n h' bs', update_failed_blocks h c bs = Ok (n, h', bs') /\ 0 <= n <= zlen bs /\ Forall2 (counted c) bs bs'.
Proof.
  intros Hc. induction bs as [|b bs IH]; intros h Hin Hl Hr.
  { exists 0, h, []. split; [done|]. split; [unfold zlen; simpl; lia|constructor]. }
  apply Forall_cons in Hin as [Hb Hin]. apply Forall_cons in Hl as [(k & Ek & [t Ht]) Hl]. apply Forall_cons in Hr as [Hrb Hr].
  destruct (update_failed_block_ok c b Hb Hc Hrb) as (p & i & f & E & H1 & H2 & H3). cbn [update_failed_blocks].
  rewrite E. res_simpl. rewrite Ek. res_simpl. unfold get. rewrite Ht. res_simpl. set (h1 := put h k _).
  destruct (IH h1 Hin) as (n & h' & bs' & -> & Hn & Hf2).
  { eapply Forall_impl; [exact Hl|]. intros a (j & Ej & Hj). exists j. split; [done|]. simpl.
    destruct (decide (k = j)) as [->|]; [rewrite lookup_insert_eq; by eexists|by rewrite lookup_insert_ne]. }
  { done. }
  res_simpl. do 3 eexists. split; [reflexivity|]. split.
  - unfold zlen in *. simpl. unfold b2z. destruct p; lia.
  - constructor; [|done]. by exists f.
Qed.

(** Blocks in order of their offsets, none overlapping the next. *)
Definition ordered (bs : list Block) : Prop := StronglySorted (fun a b => off a + len a <= off b) bs.

(** A block with versions, the current one in the chunk. *)
Definition versioned (c : list Z) (b : Block) : Prop :=
  exists f, m_failedList b = Some f /\ record_ok b f /\ holds c b f.

(** The chunk holds the last of the most often seen versions. *)
Definition popular_in (c : list Z) (b : Block) : Prop :=
  exists f i, m_failedList b = Some f /\ most_popular f i (data_of c b).

Lemma retry_block_ok c b : in_chunk c b -> zlen c < 2 ^ 32 -> versioned c b ->
  exists c' b', retry_block c b = Ok (c', b') /\ length c' = length c /\ popular_in c' b /\
    (forall p n, 0 <= p -> p + n <= off b \/ off b + len b <= p -> slice c' p n = slice c p n) /\
    (forall f, m_failedList b = Some f -> length (BlockFailed.entries f) = 1%nat -> c' = c).
Proof.
  intros Hin Hc (f & Ef & Hr & (i & n & Ei & Hi)). unfold retry_block. rewrite Ef. res_simpl.
  assert (Hne : BlockFailed.entries f <> []) by (intros E; by rewrite E in Hi).
  destruct (reverse_max_popular f Hne) as (j & data & -> & Hpop). destruct Hpop as (m & Hj & Hmax).
  destruct (Z.eqb_spec (Z.of_nat j) (BlockFailed.m_current f)) as [E|E].
  - assert (j = i) as -> by lia. rewrite Hi in Hj. injection Hj as <- <-.
    exists c, b. split_and!; try done. exists f, i. split; [done|]. by exists n.
  - rewrite Hj. res_simpl. unfold from_buffer. fold (off b) (len b). rewrite (in_chunk_ok c b Hin Hc). res_simpl.
    assert (Hd : zlen data = len b).
    { unfold record_ok in Hr. rewrite Forall_forall in Hr. apply (Hr (data, m)). by eapply list_elem_of_lookup_2. }
    rewrite (proj2 (Z.ltb_ge (zlen data) (len b))) by lia. res_simpl. rewrite (take_all data (len b) Hd).
    destruct Hin as (H1 & H2 & H3). do 2 eexists. split; [reflexivity|].
    split; [apply length_splice; lia|]. split; [|split].
    + exists f, j. split; [done|]. exists m. unfold data_of. rewrite <- Hd, slice_splice_same by lia. done.
    + intros p q Hp Hpq. apply slice_splice_other; lia.
    + intros g Eg Hl. assert (g = f) as -> by congruence. exfalso.
      apply lookup_lt_Some in Hi. apply lookup_lt_Some in Hj. lia.
Qed.

Lemma retry_blocks_ok bs : forall c, ordered bs -> zlen c < 2 ^ 32 -> Forall (in_chunk c) bs -> Forall (versioned c) bs ->
  exists c' bs', retry_blocks c bs = Ok (c', bs') /\ length c' = length c /\ length bs' = length bs /\
    Forall (popular_in c') bs /\
    (forall p n, 0 <= p -> Forall (fun b => p + n <= off b) bs -> slice c' p n = slice c p n) /\
    (Forall (fun b => forall f, m_failedList b = Some f -> length (BlockFailed.entries f) = 1%nat) bs -> c' = c).
Proof.
  induction bs as [|b bs IH]; intros c Ho Hc Hin Hv.
  { exists c, []. split_and!; done. }
  apply StronglySorted_inv in Ho as [Ho Hb]. apply Forall_cons in Hin as [Hbin Hin]. apply Forall_cons in Hv as [Hbv Hv].
  destruct (retry_block_ok c b Hbin Hc Hbv) as (c1 & b1 & E1 & Hl1 & Hp1 & Hs1 & He1). cbn [retry_blocks]. rewrite E1. res_simpl.
  assert (Hz : zlen c1 = zlen c) by (unfold zlen; by rewrite Hl1). destruct Hbin as (Hb1 & Hb2 & Hb3).
  rewrite Forall_forall in Hb, Hin, Hv.
  destruct (IH c1 Ho) as (c2 & bs2 & -> & Hl2 & Hlb2 & Hp2 & Hs2 & He2).
  { by rewrite Hz. }
  { apply Forall_forall. intros a Ha. destruct (Hin a Ha) as (? & ? & ?). unfold in_chunk. by rewrite Hz. }
  { apply Forall_forall. intros a Ha. destruct (Hv a Ha) as (f & Ef & Hr & (i & n & Ei & Hi)). exists f. split_and!; try done.
    exists i, n. split; [done|]. rewrite Hi. unfold data_of. rewrite Hs1; [done| |right; by apply Hb].
    by destruct (Hin a Ha). }
  res_simpl. do 2 eexists. split; [reflexivity|]. split; [congruence|]. split; [simpl; lia|]. split_and!.
  - constructor; [|done]. destruct Hp1 as (f & i & Ef & Hpop). exists f, i. split; [done|].
    unfold data_of in *. rewrite Hs2; [done|done|]. apply Forall_forall. intros a Ha. by apply Hb.
  - intros p n Hp Hpn. apply Forall_cons in Hpn as [Hpb Hpn]. rewrite Hs2 by done. apply Hs1; [done|]. by left.
  - intros Hall. apply Forall_cons in Hall as [Ha Hall]. destruct Hbv as (f & Ef & _).
    transitivity c1; [by apply He2|]. by apply (He1 f Ef), (Ha f Ef).
Qed.

Lemma all_finished_leads h bs : all_finished h bs = Ok true -> Forall (leads h) bs.
Proof.
  induction bs as [|b bs IH]; intros H; [constructor|]. simpl in H. res_inv. unfold is_finished, get in E.
  destruct (m_leader b) as [k|] eqn:El; res_inv.
  case_bool; [|discriminate]. constructor; [|by apply IH]. exists k. split; [done|by eexists].
Qed.

Lemma first_peer_ok h bs : Forall (wf h) bs -> exists p rest, first_peer h bs = Ok (p, rest) /\ Forall (wf h) rest.
Proof.
  induction 1 as [|b bs Hb Hbs IH]; simpl; [by do 2 eexists|]. pose proof (transfers_known h b Hb) as Hk.
  destruct (m_transfers b) as [|k ts]; [done|]. apply Forall_cons in Hk as [[t Ht] _]. unfold get. rewrite Ht. res_simpl.
  by do 2 eexists.
Qed.

Lemma all_same_peer_ok h p bs : Forall (wf h) bs -> exists s, all_same_peer h p bs = Ok s.
Proof.
  assert (Hs : forall ts, Forall (fun k => is_Some (transfers h !! k)) ts -> exists s, same_peer h p ts = Ok s).
  { induction 1 as [|k ts [t Ht] _ IH]; simpl; [by eexists|]. unfold get. rewrite Ht. res_simpl.
    destruct (bool_decide _); [done|by eexists]. }
  induction 1 as [|b bs Hb Hbs IH]; simpl; [by eexists|].
  destruct (Hs (m_transfers b) (transfers_known h b Hb)) as [s ->]. res_simpl. destruct s; [done|by eexists].
Qed.

(** Blaming a single peer changes nothing but the trace. *)
Lemma mark_single_ok h tl i l : lists tl !! i = Some l -> Forall (wf h) (blocks l) ->
  exists cs, mark_and_disconnect_if_single_peer h tl i = Ok (calls tl cs).
Proof.
  intros Hi Hw. unfold mark_and_disconnect_if_single_peer. rewrite Hi. res_simpl.
  destruct (first_peer_ok h (blocks l) Hw) as (p & rest & -> & Hr). res_simpl.
  destruct (all_same_peer_ok h p rest Hr) as [s ->]. res_simpl.
  destruct s, p; [exists [SlotCorrupt (Some n)]|exists []|exists []|exists []]; done.
Qed.

Lemma calls_fields cs tl : lists (calls tl cs) = lists tl /\ m_completedList (calls tl cs) = m_completedList tl.
Proof. revert tl. induction cs as [|a cs IH]; intros tl; [done|]. simpl. by destruct (IH (call tl a)) as [-> ->]. Qed.

(** A failed piece whose blocks lie in the chunk in order. *)
Record failed_piece (h : Heap) (tl : TransferList) (i : nat) (l : BlockList) (c : list Z) : Prop := {
  fp_find : find tl (index l) = Some i;
  fp_list : lists tl !! i = Some l;
  fp_some : blocks l <> [];
  fp_wf : Forall (wf h) (blocks l);
  fp_done : all_finished h (blocks l) = Ok true;
  fp_chunk : Forall (in_chunk c) (blocks l);
  fp_width : zlen c < 2 ^ 32;
  fp_ordered : ordered (blocks l);
  fp_record : Forall (fun b => forall f, m_failedList b = Some f -> record_ok b f) (blocks l)
}.

Lemma counted_versioned c bs bs' : Forall2 (counted c) bs bs' -> Forall (versioned c) bs'.
Proof. induction 1 as [|b b' bs bs' (f & -> & H1 & H2 & _) _ IH]; constructor; [|done]. by exists f. Qed.

Lemma counted_frame (P : Block -> Prop) c bs bs' : Forall2 (counted c) bs bs' ->
  (forall b f, P b -> P (set_failed_list b f)) -> Forall P bs -> Forall P bs'.
Proof.
  intros H HP. induction H as [|b b' bs bs' (f & -> & _) _ IH]; [done|]. intros [? ?]%Forall_cons. constructor; auto.
Qed.

Lemma counted_ordered c bs bs' : Forall2 (counted c) bs bs' -> ordered bs -> ordered bs'.
Proof.
  unfold ordered. induction 1 as [|b b' bs bs' (f & -> & _) H IH]; intros Ho; [done|].
  apply StronglySorted_inv in Ho as [Ho Hb]. constructor; [by apply IH|].
  apply (counted_frame (fun x => off b + len b <= off x) c bs); done.
Qed.

(** The first failed check of a piece in full. *)
Lemma hash_failed_first h tl i l c : failed_piece h tl i l c -> m_attempt l = 0 ->
  exists h' tl' c' bs, hash_failed h tl (index l) c = Ok (h', tl', c') /\ length c' = length c /\
    last (slots tl') = Some (SlotCompleted (index l)) /\
    (exists l', lists tl' !! i = Some l' /\ m_attempt l' = 1) /\
    Forall2 (counted c) (blocks l) bs /\ Forall (popular_in c') bs /\
    (Forall (fun b => m_failedList b = None) (blocks l) -> c' = c).
Proof.
  intros [Hf Hl Hne Hw Hd Hin Hwd Ho Hr] Ha. unfold hash_failed. rewrite Hf, Hl. res_simpl. rewrite Hd. res_simpl. cbn [negb]. res_simpl.
  set (tl1 := mkTransferList _ _ _ _ _).
  destruct (mark_single_ok h tl1 i l Hl Hw) as [cs ->]. res_simpl. rewrite Ha. cbn [Z.eqb]. unfold update_failed.
  cbn [inc_failed blocks].
  destruct (update_failed_blocks_ok c (blocks l) Hwd h Hin (all_finished_leads h _ Hd) Hr) as (n & h' & bs & -> & Hn & H2).
  res_simpl. change (size (with_blocks (inc_failed l) bs)) with (zlen bs). assert (Hlen : length bs = length (blocks l)) by (symmetry; by eapply Forall2_length).
  assert (((0 <? n) || (n <? zlen bs)) = true) as ->.
  { apply orb_true_iff. rewrite !Z.ltb_lt. unfold zlen in *. rewrite Hlen.
    assert (length (blocks l) <> 0%nat) by (by destruct (blocks l)). lia. }
  unfold retry_most_popular. set (tl2 := set_list _ i _).
  assert (E2 : lists tl2 !! i = Some (set_attempt (with_blocks (inc_failed l) bs) 1)).
  { unfold tl2, set_list, with_lists. cbn [lists]. rewrite (proj1 (calls_fields cs tl1)).
    apply list_lookup_insert_eq. by apply lookup_lt_Some in Hl. }
  rewrite E2. res_simpl. cbn [set_attempt with_blocks blocks].
  destruct (retry_blocks_ok bs c) as (c' & bs' & -> & Hlc & Hlb & Hp & _ & Hsame).
  { by eapply counted_ordered. }
  { done. }
  { by apply (counted_frame (in_chunk c) c (blocks l)). }
  { by eapply counted_versioned. }
  res_simpl. do 4 eexists. split; [reflexivity|]. split; [done|]. split; [|split; [|split; [done|split; [done|]]]].
  - cbn [call slots]. rewrite last_snoc. done.
  - eexists. split; [|shelve]. cbn [call lists set_list with_lists].
    apply list_lookup_insert_eq. by apply lookup_lt_Some in E2. Unshelve. done.
  - intros Hnone. apply Hsame. clear -H2 Hnone. induction H2 as [|b b' bs bs' (f & -> & _ & _ & He) _ IH]; [constructor|].
    apply Forall_cons in Hnone as [Hb Hnone]. constructor; [|by apply IH]. intros g [= <-]. by rewrite (He Hb).
Qed.

(** When a piece fails its hash check for the first time, the data of every
    block is counted among the versions seen of it, the chunk is filled with
    the most often seen version of each block, the latest one when several are
    seen equally often, and the piece is handed back for another check; no
    internal error is thrown on the way. *)
Theorem hash_failed_tries_most_popular (h : Heap) (tl : TransferList) (i : nat) (l : BlockList) (c : list Z) :
  failed_piece h tl i l c -> m_attempt l = 0 ->
  exists h' tl' c' bs, hash_failed h tl (index l) c = Ok (h', tl', c') /\
    Forall2 (counted c) (blocks l) bs /\ Forall (popular_in c') bs /\
    last (slots tl') = Some (SlotCompleted (index l)).
Proof.
  intros Hp Ha. destruct (hash_failed_first h tl i l c Hp Ha) as (h' & tl' & c' & bs & H1 & _ & H3 & _ & H4 & H5 & _).
  by exists h', tl', c', bs.
Qed.

(** The first failure of a piece always leads to a second check of the very
    same bytes.  The test that should tell whether another combination of
    blocks is worth trying ([promoted > 0 || promoted < size()]) holds for
    every value, and with a single version of each block the most popular data
    is what failed. *)
Theorem first_failure_rehashes_same_data (h : Heap) (tl : TransferList) (i : nat) (l : BlockList) (c : list Z) :
  failed_piece h tl i l c -> m_attempt l = 0 -> Forall (fun b => m_failedList b = None) (blocks l) ->
  exists h' tl', hash_failed h tl (index l) c = Ok (h', tl', c) /\
    last (slots tl') = Some (SlotCompleted (index l)) /\
    exists l', lists tl' !! i = Some l' /\ m_attempt l' = 1.
Proof.
  intros Hp Ha Hn. destruct (hash_failed_first h tl i l c Hp Ha) as (h' & tl' & c' & bs & H1 & _ & H3 & H4 & _ & _ & H6).
  rewrite (H6 Hn) in H1. by exists h', tl'.
Qed.

Definition zero_chunk : list Z := replicate (Z.to_nat 16384) 0.
Definition full_transfers : TransferList := mkTransferList [full_list] [] 0 0 [].

Lemma full_failed_piece : failed_piece full_heap full_transfers 0 full_list zero_chunk.
Proof.
  assert (Hz : zlen zero_chunk = 16384) by (unfold zlen, zero_chunk; rewrite length_replicate; lia).
  split; try reflexivity.
  - done.
  - apply full_list_ok.
  - constructor; [|constructor]. unfold in_chunk. rewrite Hz. unfold off, len. simpl. lia.
  - constructor; constructor.
  - constructor; [|constructor]. intros f Hf. discriminate Hf.
Qed.

Lemma hash_failed_tries_most_popular_witness :
  exists h' tl' c' bs, hash_failed full_heap full_transfers 7 zero_chunk = Ok (h', tl', c') /\
    Forall2 (counted zero_chunk) (blocks full_list) bs /\ Forall (popular_in c') bs /\
    last (slots tl') = Some (SlotCompleted 7).
Proof.
  apply (hash_failed_tries_most_popular full_heap full_transfers 0 full_list zero_chunk full_failed_piece). reflexivity.
Defined.

Lemma first_failure_rehashes_same_data_witness :
  exists h' tl', hash_failed full_heap full_transfers 7 zero_chunk = Ok (h', tl', zero_chunk) /\
    last (slots tl') = Some (SlotCompleted 7) /\
    exists l', lists tl' !! 0%nat = Some l' /\ m_attempt l' = 1.
Proof.
  apply (first_failure_rehashes_same_data full_heap full_transfers 0 full_list zero_chunk full_failed_piece);
    [reflexivity|]. constructor; [reflexivity|constructor].
Defined.

(** A piece of one block: peer 1 sent it first and its data failed, now peer 2
    has sent it again. *)
Definition second_heap : Heap :=
  mkHeap (<[0%nat := mkBlockTransfer (Some 1%nat) None (Piece.mkPiece 7 0 16384) STATE_LEADER 0 16384 (2 ^ 32 - 1) 0]>
           {[1%nat := mkBlockTransfer (Some 2%nat) None (Piece.mkPiece 7 0 16384) STATE_LEADER 0 16384 (2 ^ 32 - 1) (2 ^ 32 - 1)]})
    (<[1%nat := 1]> {[2%nat := 1]}) ∅ 2 [].
Definition second_block : Block :=
  mkBlock (7, 0%nat) (Piece.mkPiece 7 0 16384) STATE_COMPLETED 0 [] [0%nat; 1%nat] (Some 1%nat) None.
Definition second_transfers : TransferList :=
  mkTransferList [mkBlockList (Piece.mkPiece 7 0 16384) PRIORITY_NORMAL 1 1 0 false [second_block]] [] 0 1 [].

(** The peer that is blamed for a failed piece of one block is the first that
    ever sent it, not the one whose data failed: the transfers of the block the
    peer is taken from are never compared with it, so a block with transfers
    of two peers counts as the work of a single peer. *)
Theorem single_peer_misses_first_block :
  wf second_heap second_block /\
  exists tl', mark_and_disconnect_if_single_peer second_heap second_transfers 0 = Ok tl' /\
    slots tl' = [SlotCorrupt (Some 1%nat)].
Proof.
  split.
  - split; try done.
    + apply NoDup_ListNoDup. repeat constructor; simpl; lia.
    + exists [0%nat; 1%nat], []. split; [done|]. split.
      * constructor; [by eexists|]. constructor; [by eexists|constructor].
      * split_and!; try done. by eexists.
  - eexists. split; reflexivity.
Qed.

End TransferList.
