(* ===== verification/Delegator.v ===== *)
(** * Handing out blocks to a peer (src/download/delegator.cc, delegator.h)

    [delegate] collects requests for a peer: from the piece it worked on last,
    from pieces of full seeders, from pieces in progress by priority, from new
    pieces of the chunk selector, and in aggressive mode from blocks that
    others already download.  The chunk selector is behind two slots; the
    delegator is verified against what they promise ([ChunkSource]), and the
    selector of ChunkSelector.v is shown to keep the promise. *)

From S2P Require Import Prelude Bitfield ChunkStatistics ChunkSelector ProtocolBase Block TransferList.

Module Delegator.
Import PeerChunks BlockTransfer Block BlockList TransferList.

Definition block_size : Z := Z.shiftl 1 14.
Definition no_index : Z := 2 ^ 32 - 1.

(** The slots that choose a chunk and that are told of its use. *)
Class ChunkSource (S : Type) := {
  slot_chunk_find : S -> PeerChunks -> bool -> res (Z * S * PeerChunks);
  slot_queued : S -> Z -> res S
}.

(** What [delegate] works on: the store, the pieces in progress, the state
    behind the slots, the peer's chunks and the requests made so far. *)
Record work (S : Type) := mkWork {
  heap : Heap;
  transfer_list : TransferList;
  source : S;
  peer : PeerChunks;
  found : list (option nat)
}.
Arguments mkWork {S}.
Arguments heap {S}.
Arguments transfer_list {S}.
Arguments source {S}.
Arguments peer {S}.
Arguments found {S}.

Definition size_not_stalled (b : Block) : Z := m_notStalled b.
Definition full (maxPieces : Z) (tr : list (option nat)) : bool := maxPieces <=? zlen tr.

(** The first loop of [delegate_from_blocklist]: blocks nobody was asked for. *)
Fixpoint fill_idle (now maxPieces : Z) (p : nat) (h : Heap) (tr : list (option nat)) (bs : list Block)
    : res (Heap * list (option nat) * list Block) :=
  match bs with
  | [] => Ok (h, tr, [])
  | b :: bs =>
      if full maxPieces tr then Ok (h, tr, b :: bs)
      else
        f ← is_finished h b;
        '(h, tr, b) ←
          (if negb f && is_stalled b && (size_all b =? 0)
           then '(o, h, b) ← Block.insert now h b p; Ok (h, tr ++ [o], b)
           else Ok (h, tr, b));
        '(h, tr, bs) ← fill_idle now maxPieces p h tr bs;
        Ok (h, tr, b :: bs)
  end.

(** The second loop: blocks whose requests have all stalled. *)
Fixpoint fill_stalled (now maxPieces : Z) (p : nat) (h : Heap) (tr : list (option nat)) (bs : list Block)
    : res (Heap * list (option nat) * list Block) :=
  match bs with
  | [] => Ok (h, tr, [])
  | b :: bs =>
      if full maxPieces tr then Ok (h, tr, b :: bs)
      else
        f ← is_finished h b;
        '(h, tr, b) ←
          (if negb f && is_stalled b
           then '(o, h, b) ← Block.insert now h b p;
                Ok (h, match o with Some _ => tr ++ [o] | None => tr end, b)
           else Ok (h, tr, b));
        '(h, tr, bs) ← fill_stalled now maxPieces p h tr bs;
        Ok (h, tr, b :: bs)
  end.

Definition delegate_from_blocklist (now maxPieces : Z) (p : nat) (h : Heap) (tr : list (option nat)) (c : BlockList)
    : res (Heap * list (option nat) * BlockList) :=
  '(h, tr, bs) ← fill_idle now maxPieces p h tr (blocks c);
  if full maxPieces tr then Ok (h, tr, with_blocks c bs)
  else
    '(h, tr, bs) ← fill_stalled now maxPieces p h tr bs;
    Ok (h, tr, with_blocks c bs).

(** A loop over the pieces in progress; the flag is the early return. *)
Fixpoint for_lists (now maxPieces : Z) (p : nat) (pick : BlockList -> res bool)
    (h : Heap) (tr : list (option nat)) (ls : list BlockList) : res (bool * Heap * list (option nat) * list BlockList) :=
  match ls with
  | [] => Ok (false, h, tr, [])
  | l :: ls =>
      if full maxPieces tr then Ok (true, h, tr, l :: ls)
      else
        g ← pick l;
        '(h, tr, l) ← (if (g : bool) then delegate_from_blocklist now maxPieces p h tr l else Ok (h, tr, l));
        '(r, h, tr, ls) ← for_lists now maxPieces p pick h tr ls;
        Ok (r, h, tr, l :: ls)
  end.

(** The blocks of one piece in aggressive mode. *)
Fixpoint overlap_blocks (now maxPieces : Z) (p : nat) (overlapped : Z) (h : Heap) (tr : list (option nat)) (bs : list Block)
    : res (Z * Heap * list (option nat) * list Block) :=
  match bs with
  | [] => Ok (overlapped, h, tr, [])
  | b :: bs =>
      if (overlapped =? 0) || full maxPieces tr || (overlapped <=? size_not_stalled b)
      then Ok (overlapped, h, tr, b :: bs)
      else
        f ← is_finished h b;
        '(overlapped, h, tr, b) ←
          (if negb f
           then '(o, h, b) ← Block.insert now h b p;
                Ok (match o with
                    | Some _ => (u16 (size_not_stalled b), h, tr ++ [o], b)
                    | None => (overlapped, h, tr, b)
                    end)
           else Ok (overlapped, h, tr, b));
        '(overlapped, h, tr, bs) ← overlap_blocks now maxPieces p overlapped h tr bs;
        Ok (overlapped, h, tr, b :: bs)
  end.

Fixpoint overlap_lists (now maxPieces : Z) (p : nat) (bf : Bitfield.Bitfield) (overlapped : Z)
    (h : Heap) (tr : list (option nat)) (ls : list BlockList) : res (Heap * list (option nat) * list BlockList) :=
  match ls with
  | [] => Ok (h, tr, [])
  | l :: ls =>
      if full maxPieces tr then Ok (h, tr, l :: ls)
      else
        g ← Bitfield.get bf (index l);
        '(overlapped, h, tr, l) ←
          (if g && negb (bool_decide (m_priority l = PRIORITY_OFF))
           then '(overlapped, h, tr, bs) ← overlap_blocks now maxPieces p overlapped h tr (blocks l);
                Ok (overlapped, h, tr, with_blocks l bs)
           else Ok (overlapped, h, tr, l));
        '(h, tr, ls) ← overlap_lists now maxPieces p bf overlapped h tr ls;
        Ok (h, tr, l :: ls)
  end.

Section Delegate.
Context {S : Type} `{ChunkSource S}.
(** [m_slot_chunk_size], the clock and the peer that asks. *)
Context (m_slot_chunk_size : Z -> Z) (now : Z) (p : nat).

(** The loop runs at most [maxPieces] times, as each turn adds a request. *)
Fixpoint new_chunks_loop (fuel : nat) (maxPieces : Z) (highPriority : bool) (w : work S) : res (work S) :=
  if full maxPieces (found w) then Ok w
  else
    match fuel with
    | O => UB
    | Datatypes.S fuel =>
        '(idx, s, pc) ← slot_chunk_find (source w) (peer w) highPriority;
        if idx =? no_index then Ok (mkWork (heap w) (transfer_list w) s pc (found w))
        else
          '(i, tl) ← TransferList.insert (transfer_list w) (Piece.mkPiece idx 0 (m_slot_chunk_size idx)) block_size;
          s ← slot_queued s idx;
          l ← of_deref (lists tl !! i);
          let l := set_by_seeder l (is_seeder pc) in
          let l := set_priority l (if highPriority then PRIORITY_HIGH else PRIORITY_NORMAL) in
          '(h, tr, l) ← delegate_from_blocklist now maxPieces p (heap w) (found w) l;
          new_chunks_loop fuel maxPieces highPriority (mkWork h (set_list tl i l) s pc tr)
    end.

Definition delegate_new_chunks (maxPieces : Z) (highPriority : bool) (w : work S) : res (work S) :=
  new_chunks_loop (Z.to_nat maxPieces) maxPieces highPriority w.

(** One of the loops of [delegate] over the pieces in progress. *)
Definition existing (maxPieces : Z) (pick : BlockList -> res bool) (w : work S) : res (bool * work S) :=
  '(r, h, tr, ls) ← for_lists now maxPieces p pick (heap w) (found w) (lists (transfer_list w));
  Ok (r, mkWork h (with_lists (transfer_list w) ls) (source w) (peer w) tr).

(** The pieces with a priority that the peer has. *)
Definition of_priority (prio : priority_enum) (w : work S) (l : BlockList) : res bool :=
  if bool_decide (m_priority l = prio) then Bitfield.get (m_bitfield (peer w)) (index l) else Ok false.

Definition delegate_to_seeder (maxPieces : Z) (w : work S) : res (bool * work S) :=
  if is_seeder (peer w) then
    '(r, w) ← existing maxPieces (fun l => Ok (m_bySeeder l)) w;
    if (r : bool) then Ok (true, w)
    else
      w ← delegate_new_chunks maxPieces true w;
      w ← delegate_new_chunks maxPieces false w;
      Ok (false, w)
  else Ok (false, w).

Definition delegate_aggressive (maxPieces : Z) (w : work S) : res (work S) :=
  '(h, tr, ls) ← overlap_lists now maxPieces p (m_bitfield (peer w)) 5 (heap w) (found w) (lists (transfer_list w));
  Ok (mkWork h (with_lists (transfer_list w) ls) (source w) (peer w) tr).

Definition delegate (aggressive : bool) (affinity : option Z) (maxPieces : Z)
    (h : Heap) (tl : TransferList) (s : S) (pc : PeerChunks) : res (work S) :=
  let w := mkWork h tl s pc [] in
  '(r, w) ← match affinity with
            | Some a => existing maxPieces (fun l => Ok (a =? index l)) w
            | None => Ok (false, w)
            end;
  if (r : bool) then Ok w else
  '(r, w) ← delegate_to_seeder maxPieces w;
  if (r : bool) then Ok w else
  if full maxPieces (found w) then Ok w else
  '(r, w) ← existing maxPieces (of_priority PRIORITY_HIGH w) w;
  if (r : bool) then Ok w else
  w ← delegate_new_chunks maxPieces true w;
  '(r, w) ← existing maxPieces (of_priority PRIORITY_NORMAL w) w;
  if (r : bool) then Ok w else
  w ← delegate_new_chunks maxPieces false w;
  if negb aggressive then Ok w else delegate_aggressive maxPieces w.

End Delegate.

(** ** A request for a block *)

Lemma counter_le_size h p : heap_ok h -> counter_of h p <= Z.of_nat (base.size (transfers h)).
Proof.
  intros Hok. rewrite (heap_counter h Hok). unfold peer_count. apply Nat2Z.inj_le, map_subseteq_size, map_filter_subseteq.
Qed.

Lemma members_le_size h b : wf h b -> zlen (members b) <= Z.of_nat (base.size (transfers h)).
Proof.
  intros Hw. unfold zlen. rewrite <- (size_dom (D := gset nat)).
  rewrite <- (size_list_to_set (C := gset nat) (members b)) by (by apply (wf_nodup h)).
  apply Nat2Z.inj_le, subseteq_size. intros k Hk%elem_of_list_to_set. apply elem_of_dom. by apply (members_known h b).
Qed.

Lemma size_all_zero h b : wf h b -> Z.of_nat (base.size (transfers h)) < 2 ^ 32 -> (size_all b =? 0) = true -> members b = [].
Proof.
  intros Hw Hs E. bool_prop. pose proof (members_le_size h b Hw) as Hl. unfold size_all in E. unfold members, zlen in *.
  rewrite length_app in Hl. rewrite u32_small in E by lia. apply nil_length_inv. rewrite length_app. lia.
Qed.

(** A block that is not finished gives a fresh request to a peer that has none
    there, and is left alone otherwise. *)
Lemma insert_step now h b p :
  inv h b -> is_finished h b = Ok false -> Z.of_nat (base.size (transfers h)) < 2 ^ 32 - 1 ->
  (Block.insert now h b p = Ok (None, h, b) /\ members b <> []) \/
  exists k t h' b', Block.insert now h b p = Ok (Some k, h', b') /\ inv h' b' /\
    transfers h !! k = None /\ transfers h' = <[k := t]> (transfers h) /\
    m_queued b' = m_queued b ++ [k] /\ m_transfers b' = m_transfers b /\ self b' = self b /\
    m_peer_info t = Some p /\ m_block t = Some (self b) /\ b_state b' = b_state b.
Proof.
  intros Hi Hf Hs. pose proof Hi as [Hok Hw]. pose proof (counter_le_size h p Hok) as Hc. pose proof (members_le_size h b Hw) as Hm.
  destruct (block_insert_inv now h b p Hi Hf) as (o & h' & b' & E & Hi'); [lia|lia|]. rewrite E.
  unfold Block.insert, find_queued, find_transfer in E.
  destruct (find_peer_ok h (m_queued b) p (queued_known h b Hw)) as [q Eq].
  destruct (find_peer_ok h (m_transfers b) p (transfers_known h b Hw)) as [q' Eq'].
  assert (Hne : forall l o, find_peer h l p = Ok (Some o) -> l <> []) by (by intros [|] o').
  rewrite Eq in E. res_simpl. destruct q as [q|].
  { injection E as <- <- <-. left. split; [done|]. intros Hx. apply app_eq_nil in Hx as [Hx _]. by apply (Hne _ _ Eq). }
  rewrite Eq' in E. res_simpl. destruct q' as [q'|].
  { injection E as <- <- <-. left. split; [done|]. intros Hx. apply app_eq_nil in Hx as [_ Hx]. by apply (Hne _ _ Eq'). }
  right. set (t := mkBlockTransfer _ _ _ _ _ _ _ _) in E. destruct (new_transfer_ok h t p Hok) as (h2 & E2 & _ & Em); [lia|].
  cbn [new_transfer] in E, E2. rewrite E2 in E. res_simpl. injection E as <- <- <-.
  exists (BlockTransfer.next h), (with_peer t (Some p)). do 2 eexists. split; [reflexivity|]. split; [done|]. split.
  { destruct (transfers h !! BlockTransfer.next h) eqn:En; [|done].
    pose proof (heap_fresh h Hok (BlockTransfer.next h)) as Hl. rewrite En in Hl. specialize (Hl ltac:(by eexists)). lia. }
  by split_and!.
Qed.

(** ** The pieces in progress *)

Record list_wf (n : Z) (h : Heap) (l : BlockList) : Prop := {
  lw_index : 0 <= index l < n;
  lw_blocks : forall i b, blocks l !! i = Some b -> wf h b /\ self b = (index l, i);
  lw_finished : m_finished l = Z.of_nat (count done_block (blocks l));
  lw_width : BlockList.size l < 2 ^ 32
}.

(** What [f] gives for every block, in a list: the requests that wait in the
    blocks, and all their transfers. *)
Definition flat (f : Block -> list nat) (ls : list BlockList) : list nat :=
  concat ((fun l => concat (f <$> blocks l)) <$> ls).
Definition all_queued : list BlockList -> list nat := flat m_queued.
Definition all_members : list BlockList -> list nat := flat members.

Record pieces_ok (n : Z) (h : Heap) (ls : list BlockList) : Prop := {
  po_heap : heap_ok h;
  po_lists : Forall (list_wf n h) ls;
  po_index : NoDup (index <$> ls);
  po_members : NoDup (all_members ls)
}.

Lemma list_wf_frame n h h' l : list_wf n h l ->
  (forall j, is_Some (transfers h !! j) -> transfers h' !! j = transfers h !! j) -> list_wf n h' l.
Proof.
  intros [Hi Hb Hfi Hwd] Hf. split; try done. intros i b E. destruct (Hb i b E) as [Hw Hs]. split; [|done].
  apply (wf_frame h); [done|]. intros j Hj. by apply Hf, (members_known h b).
Qed.

Lemma list_wf_fields n h l l' : blocks l' = blocks l -> m_piece l' = m_piece l -> m_finished l' = m_finished l ->
  list_wf n h l -> list_wf n h l'.
Proof. intros Eb Ep Ef [Hi Hb Hfi Hwd]. split; unfold index, BlockList.size in *; rewrite ?Eb, ?Ep, ?Ef; done. Qed.

Lemma done_replace pre b b' post : b_state b' = b_state b -> count done_block (pre ++ b' :: post) = count done_block (pre ++ b :: post).
Proof. intros E. rewrite !count_app, !count_cons. unfold done_block at 2 5. by rewrite E. Qed.

Lemma list_wf_replace n h l pre b b' post : list_wf n h (with_blocks l (pre ++ b :: post)) -> wf h b' -> self b' = self b -> b_state b' = b_state b ->
  list_wf n h (with_blocks l (pre ++ b' :: post)).
Proof.
  intros [Hi Hb Hfi Hwd] Hw Hs Hst. split; [done| |by cbn [with_blocks blocks m_finished] in *; rewrite (done_replace pre b b' post Hst)|
    by unfold BlockList.size, zlen in *; cbn [with_blocks blocks] in *; rewrite length_app in *].
  cbn [with_blocks blocks] in *. intros i x E.
  destruct (decide (i = length pre)) as [->|Hne].
  - rewrite list_lookup_middle in E by done. injection E as <-. split; [done|]. rewrite Hs.
    apply (Hb (length pre) b). by apply list_lookup_middle.
  - apply (Hb i x). destruct (decide (i < length pre)%nat).
    + rewrite lookup_app_l in E |- * by lia. done.
    + rewrite lookup_app_r in E |- * by lia. by destruct (i - length pre)%nat eqn:En; [lia|].
Qed.

Lemma flat_app f a b : flat f (a ++ b) = flat f a ++ flat f b.
Proof. unfold flat. by rewrite fmap_app, concat_app. Qed.

Lemma flat_one f l : flat f [l] = concat (f <$> blocks l).
Proof. apply app_nil_r. Qed.

Lemma elem_of_concat_fmap {A} (f : A -> list nat) (l : list A) k : k ∈ concat (f <$> l) <-> exists a, a ∈ l /\ k ∈ f a.
Proof.
  rewrite list_elem_of_In, in_concat. split.
  - intros (x & Hx & Hk). apply list_elem_of_In, list_elem_of_fmap in Hx as (a & -> & Ha). exists a. split; [done|]. by apply list_elem_of_In.
  - intros (a & Ha & Hk). exists (f a). rewrite <- !list_elem_of_In. split; [|done]. apply list_elem_of_fmap. by eexists.
Qed.

Lemma elem_of_flat f ls k : k ∈ flat f ls <-> exists l b, l ∈ ls /\ b ∈ blocks l /\ k ∈ f b.
Proof.
  unfold flat. rewrite (elem_of_concat_fmap (fun l => concat (f <$> blocks l))). setoid_rewrite elem_of_concat_fmap.
  split; [intros (l & Hl & b & Hb & Hk)|intros (l & b & Hl & Hb & Hk)]; eauto.
Qed.

(** The part of one block and that of all others. *)
Definition others (f : Block -> list nat) (L1 : list BlockList) (pre post : list Block) (L2 : list BlockList) : list nat :=
  flat f L1 ++ concat (f <$> pre) ++ concat (f <$> post) ++ flat f L2.

Lemma flat_split f L1 l pre b post L2 :
  flat f (L1 ++ with_blocks l (pre ++ b :: post) :: L2) ≡ₚ f b ++ others f L1 pre post L2.
Proof.
  change (L1 ++ with_blocks l (pre ++ b :: post) :: L2) with (L1 ++ [with_blocks l (pre ++ b :: post)] ++ L2).
  rewrite !flat_app, flat_one. unfold others. cbn [with_blocks blocks]. rewrite fmap_app, fmap_cons, concat_app. cbn [concat].
  rewrite <- !app_assoc. rewrite (Permutation_app_swap_app (concat (f <$> pre)) (f b)).
  by rewrite (Permutation_app_swap_app (flat f L1) (f b)).
Qed.

Lemma all_members_known n h ls k : Forall (list_wf n h) ls -> k ∈ all_members ls -> is_Some (transfers h !! k).
Proof.
  intros Hl (l & b & Hin & Hb & Hk)%elem_of_flat. rewrite Forall_forall in Hl.
  apply list_elem_of_lookup in Hb as [i Hb]. by apply (members_known h b), Hk; apply (lw_blocks n h l (Hl l Hin) i b).
Qed.

Section Grants.
Context (n maxPieces now : Z) (p : nat) (ok : Z -> Prop) (h0 : Heap) (ls0 : list BlockList).

(** The state after the requests [ks] were made: nothing but them was added to
    the store and to the blocks. *)
Record delegated (ks : list nat) (h : Heap) (ls : list BlockList) : Prop := {
  d_pieces : pieces_ok n h ls;
  d_prefix : (index <$> ls0) `prefix_of` (index <$> ls);
  d_queued : all_queued ls ≡ₚ all_queued ls0 ++ ks;
  d_members : all_members ls ≡ₚ all_members ls0 ++ ks;
  d_nodup : NoDup ks;
  d_fresh : Forall (fun k => transfers h0 !! k = None) ks;
  d_granted : Forall (fun k => exists t a, transfers h !! k = Some t /\ m_peer_info t = Some p /\
    m_block t = Some a /\ ok (fst a)) ks;
  d_frame : forall j, j ∉ ks -> transfers h !! j = transfers h0 !! j;
  d_size : Z.of_nat (base.size (transfers h)) = Z.of_nat (base.size (transfers h0)) + zlen ks;
  d_max : zlen ks <= maxPieces
}.

Lemma block_wf ks h L1 l L2 pre b bs : delegated ks h (L1 ++ with_blocks l (pre ++ b :: bs) :: L2) -> wf h b.
Proof.
  intros Hd. pose proof (po_lists _ _ _ (d_pieces _ _ _ Hd)) as Hx. apply Forall_app in Hx as [_ [Hx _]%Forall_cons].
  apply (lw_blocks n h _ Hx (length pre)). cbn [with_blocks blocks]. by apply list_lookup_middle.
Qed.

Lemma grows_snoc (ks : list nat) k : zlen ks < zlen (ks ++ [k]).
Proof. unfold zlen. rewrite length_app. simpl. lia. Qed.

Lemma some_snoc (ks : list nat) k : (Some <$> ks) ++ [Some k] = Some <$> (ks ++ [k]).
Proof. by rewrite fmap_app. Qed.

(** The loops go on after a block with the rest. *)
Lemma pass (b : Block) (bs pre : list Block) : (pre ++ [b]) ++ bs = pre ++ b :: bs.
Proof. by rewrite <- app_assoc. Qed.

Lemma full_some ks : full maxPieces (Some <$> ks) = false -> zlen ks < maxPieces.
Proof. unfold full, zlen. rewrite length_fmap. intros E. bool_prop. lia. Qed.

Lemma full_not ks : zlen ks < maxPieces -> full maxPieces (Some <$> ks) = false.
Proof. unfold full, zlen. rewrite length_fmap. intros E. apply Z.leb_gt. lia. Qed.

(** One more request, in a block of the piece [l]. *)
Lemma delegated_request ks h L1 l L2 pre b post k t h' b' :
  delegated ks h (L1 ++ with_blocks l (pre ++ b :: post) :: L2) -> zlen ks < maxPieces -> ok (index l) ->
  heap_ok h' -> wf h' b' -> transfers h !! k = None -> transfers h' = <[k := t]> (transfers h) ->
  m_queued b' = m_queued b ++ [k] -> m_transfers b' = m_transfers b -> self b' = self b ->
  m_peer_info t = Some p -> m_block t = Some (self b) -> b_state b' = b_state b ->
  delegated (ks ++ [k]) h' (L1 ++ with_blocks l (pre ++ b' :: post) :: L2).
Proof.
  intros [[Hok Hl Hi Hmem] Hp Hq Hqm Hn Hf Hg Hfr Hsz Hm] Hlt Hokl Hok' Hw' Hk Eh Eq Et Es Ep Eb Est.
  assert (Hkeep : forall j, is_Some (transfers h !! j) -> transfers h' !! j = transfers h !! j).
  { intros j [x Hx]. rewrite Eh, lookup_insert_ne; [done|]. intros ->. by rewrite Hk in Hx. }
  assert (Hks : k ∉ ks).
  { intros Hin. rewrite Forall_forall in Hg. destruct (Hg k Hin) as (x & a & Hx & _). by rewrite Hk in Hx. }
  assert (Hkm : k ∉ members b ++ others members L1 pre post L2).
  { rewrite <- (flat_split members L1 l). intros Hin. apply (all_members_known n h _ k Hl) in Hin as [x Hx]. by rewrite Hk in Hx. }
  apply Forall_app in Hl as [Hl1 [Hlm Hl2]%Forall_cons].
  assert (Hb : self b = (index l, length pre)).
  { apply (lw_blocks n h _ Hlm). cbn [with_blocks blocks]. by apply list_lookup_middle. }
  assert (Hper : members b' ≡ₚ k :: members b).
  { unfold members. rewrite Eq, Et. by rewrite <- app_assoc, (Permutation_app_comm [k]), app_assoc, Permutation_app_comm. }
  split.
  - split; [done| | |].
    + apply Forall_app. split; [|apply Forall_cons; split].
      * eapply Forall_impl; [exact Hl1|]. intros x Hx. by apply (list_wf_frame n h).
      * apply (list_wf_replace n h' l pre b); [|done|done|done]. by apply (list_wf_frame n h).
      * eapply Forall_impl; [exact Hl2|]. intros x Hx. by apply (list_wf_frame n h).
    + rewrite !fmap_app, !fmap_cons in *. done.
    + unfold all_members in *. rewrite flat_split in Hmem |- *. rewrite Hper. by apply NoDup_cons.
  - rewrite !fmap_app, !fmap_cons in *. done.
  - rewrite app_assoc, <- Hq. unfold all_queued. rewrite !flat_split, Eq, <- !app_assoc. apply Permutation_app_head.
    apply Permutation_app_comm.
  - rewrite app_assoc, <- Hqm. unfold all_members. rewrite !flat_split, Hper.
    rewrite <- app_comm_cons. by rewrite (Permutation_app_comm _ [k]).
  - apply NoDup_app. split; [done|]. split; [|apply NoDup_singleton]. intros j Hj ->%list_elem_of_singleton. done.
  - apply Forall_app. split; [done|]. constructor; [|constructor]. by rewrite <- Hfr.
  - apply Forall_app. split.
    + eapply Forall_impl; [exact Hg|]. intros j (x & a & Hx & Hr). exists x, a. rewrite Hkeep by (by eexists). done.
    + constructor; [|constructor]. exists t, (self b). rewrite Eh, lookup_insert_eq. split_and!; try done. by rewrite Hb.
  - intros j Hj. rewrite not_elem_of_app, list_elem_of_singleton in Hj. destruct Hj as [? ?].
    rewrite Eh, lookup_insert_ne by done. by apply Hfr.
  - rewrite Eh, map_size_insert_None by done. unfold zlen in *. rewrite length_app. simpl. lia.
  - unfold zlen in *. rewrite length_app. simpl. lia.
Qed.

Hypothesis room : Z.of_nat (base.size (transfers h0)) + maxPieces < 2 ^ 32.

(** A turn of a loop over the blocks that asks for one. *)
Lemma turn ks h L1 l L2 pre b bs :
  delegated ks h (L1 ++ with_blocks l (pre ++ b :: bs) :: L2) -> ok (index l) ->
  zlen ks < maxPieces -> is_finished h b = Ok false ->
  (Block.insert now h b p = Ok (None, h, b) /\ members b <> []) \/
  exists k h' b', Block.insert now h b p = Ok (Some k, h', b') /\
    delegated (ks ++ [k]) h' (L1 ++ with_blocks l ((pre ++ [b']) ++ bs) :: L2).
Proof.
  intros Hd Hl Hlt Hf. pose proof (d_size _ _ _ Hd) as Hs.
  pose proof (block_wf _ _ _ _ _ _ _ _ Hd) as Hw.
  pose proof (po_heap _ _ _ (d_pieces _ _ _ Hd)) as Hok.
  destruct (insert_step now h b p (conj Hok Hw) Hf) as [?|(k & t & h' & b' & -> & [? ?] & ? & ? & ? & ? & ? & ? & ? & ?)];
    [lia|by left|right].
  exists k, h', b'. split; [done|]. rewrite <- app_assoc. by apply (delegated_request ks h L1 l L2 pre b bs k t).
Qed.

Definition idle (b : Block) : Prop := m_leader b = None /\ m_notStalled b = 0 /\ members b = [].

Lemma idle_size_all b : idle b -> (size_all b =? 0) = true.
Proof. intros (_ & _ & E). unfold size_all. apply app_eq_nil in E as [-> ->]. done. Qed.

Lemma fill_idle_ok bs : forall ks h L1 l L2 pre,
  delegated ks h (L1 ++ with_blocks l (pre ++ bs) :: L2) -> ok (index l) ->
  exists h' ks' bs', fill_idle now maxPieces p h (Some <$> ks) bs = Ok (h', Some <$> ks', bs') /\
    delegated ks' h' (L1 ++ with_blocks l (pre ++ bs') :: L2) /\ zlen ks <= zlen ks' /\
    (forall b, head bs = Some b -> idle b -> zlen ks < maxPieces -> zlen ks < zlen ks').
Proof.
  induction bs as [|b bs IH]; intros ks h L1 l L2 pre Hd Hl; cbn [fill_idle].
  { do 3 eexists. split; [reflexivity|]. split; [done|]. split; [lia|]. by intros b. }
  destruct (full maxPieces (Some <$> ks)) eqn:Ef.
  { do 3 eexists. split; [reflexivity|]. split; [done|]. split; [lia|]. intros b' _ _ Hlt.
    by rewrite full_not in Ef. }
  apply full_some in Ef. pose proof (block_wf _ _ _ _ _ _ _ _ Hd) as Hw.
  rewrite (is_finished_fin h b Hw). res_simpl. pose proof (d_size _ _ _ Hd) as Hs.
  destruct (fin_block h b) eqn:Efb; cbn [negb andb].
  { res_simpl. rewrite <- pass in Hd. destruct (IH _ _ _ _ _ _ Hd Hl) as (h' & ks' & bs' & -> & Hd' & Hg & _). res_simpl.
    do 3 eexists. split; [reflexivity|]. rewrite pass in Hd'. split; [done|]. split; [done|].
    intros b' [= <-] (El & _). unfold fin_block in Efb. by rewrite El in Efb. }
  destruct (is_stalled b && (size_all b =? 0)) eqn:Ec.
  - bool_prop. assert (Hfin : is_finished h b = Ok false) by (by rewrite (is_finished_fin h b Hw), Efb).
    destruct (turn ks h L1 l L2 pre b bs Hd Hl Ef Hfin) as [[_ Hne]|(k & h' & b' & -> & Hd')].
    { exfalso. apply Hne. apply (size_all_zero h b Hw); [lia|]. by apply Z.eqb_eq. }
    res_simpl. rewrite some_snoc. destruct (IH _ _ _ _ _ _ Hd' Hl) as (h2 & ks2 & bs2 & -> & Hd2 & Hg & _). res_simpl.
    do 3 eexists. split; [reflexivity|]. rewrite pass in Hd2. pose proof (grows_snoc ks k).
    split; [done|]. split; [lia|]. intros; lia.
  - res_simpl. rewrite <- pass in Hd. destruct (IH _ _ _ _ _ _ Hd Hl) as (h' & ks' & bs' & -> & Hd' & Hg & _). res_simpl.
    do 3 eexists. split; [reflexivity|]. rewrite pass in Hd'. split; [done|]. split; [done|].
    intros b' [= <-] Hi. pose proof Hi as (_ & E & _). rewrite (idle_size_all b Hi) in Ec. unfold is_stalled in Ec. by rewrite E in Ec.
Qed.

Lemma fill_stalled_ok bs : forall ks h L1 l L2 pre,
  delegated ks h (L1 ++ with_blocks l (pre ++ bs) :: L2) -> ok (index l) ->
  exists h' ks' bs', fill_stalled now maxPieces p h (Some <$> ks) bs = Ok (h', Some <$> ks', bs') /\
    delegated ks' h' (L1 ++ with_blocks l (pre ++ bs') :: L2) /\ zlen ks <= zlen ks'.
Proof.
  induction bs as [|b bs IH]; intros ks h L1 l L2 pre Hd Hl; cbn [fill_stalled].
  { do 3 eexists. split; [reflexivity|]. by split. }
  destruct (full maxPieces (Some <$> ks)) eqn:Ef; [do 3 eexists; split; [reflexivity|]; by split|].
  apply full_some in Ef. pose proof (block_wf _ _ _ _ _ _ _ _ Hd) as Hw.
  rewrite (is_finished_fin h b Hw). res_simpl.
  assert (Hskip : exists h' ks' bs', fill_stalled now maxPieces p h (Some <$> ks) bs = Ok (h', Some <$> ks', bs') /\
    delegated ks' h' (L1 ++ with_blocks l (pre ++ b :: bs') :: L2) /\ zlen ks <= zlen ks').
  { rewrite <- pass in Hd. destruct (IH _ _ _ _ _ _ Hd Hl) as (h' & ks' & bs' & -> & Hd' & Hg).
    rewrite pass in Hd'. by do 3 eexists. }
  destruct (negb (fin_block h b) && is_stalled b) eqn:Ec; [bool_prop|].
  - assert (Hfin : is_finished h b = Ok false) by (rewrite (is_finished_fin h b Hw); congruence).
    destruct (turn ks h L1 l L2 pre b bs Hd Hl Ef Hfin) as [[-> _]|(k & h' & b' & -> & Hd')]; res_simpl.
    + destruct Hskip as (h' & ks' & bs' & -> & Hd' & Hg). res_simpl. do 3 eexists. split; [reflexivity|]. by split.
    + rewrite some_snoc. destruct (IH _ _ _ _ _ _ Hd' Hl) as (h2 & ks2 & bs2 & -> & Hd2 & Hg). res_simpl.
      do 3 eexists. split; [reflexivity|]. rewrite pass in Hd2. pose proof (grows_snoc ks k). split; [done|lia].
  - destruct Hskip as (h' & ks' & bs' & E & Hd' & Hg). res_simpl. rewrite E. res_simpl. do 3 eexists. split; [reflexivity|]. by split.
Qed.

Lemma with_blocks_same l : with_blocks l (blocks l) = l.
Proof. by destruct l. Qed.

Lemma delegate_from_blocklist_ok ks h L1 l L2 : delegated ks h (L1 ++ l :: L2) -> ok (index l) ->
  exists h' ks' l', delegate_from_blocklist now maxPieces p h (Some <$> ks) l = Ok (h', Some <$> ks', l') /\
    delegated ks' h' (L1 ++ l' :: L2) /\ index l' = index l /\
    (forall b, head (blocks l) = Some b -> idle b -> zlen ks < maxPieces -> zlen ks < zlen ks').
Proof.
  intros Hd Hl. unfold delegate_from_blocklist. rewrite <- (with_blocks_same l) in Hd. change (blocks l) with ([] ++ blocks l) in Hd.
  destruct (fill_idle_ok _ _ _ _ _ _ _ Hd Hl) as (h1 & ks1 & bs1 & -> & Hd1 & Hg1 & Hp). res_simpl.
  destruct (full maxPieces (Some <$> ks1)); [do 3 eexists; split; [reflexivity|]; by split_and!|].
  change (with_blocks l ([] ++ bs1)) with (with_blocks (with_blocks l bs1) ([] ++ bs1)) in Hd1.
  destruct (fill_stalled_ok _ _ _ _ _ _ _ Hd1 Hl) as (h2 & ks2 & bs2 & -> & Hd2 & Hg2). res_simpl.
  do 3 eexists. split; [reflexivity|]. split; [done|]. split; [done|]. intros b Hb Hi Hlt. specialize (Hp b Hb Hi Hlt). lia.
Qed.

Lemma for_lists_ok pick L2 : forall ks h L1, delegated ks h (L1 ++ L2) ->
  (forall l, 0 <= index l < n -> exists g, pick l = Ok g /\ (g = true -> ok (index l))) ->
  exists r h' ks' L2', for_lists now maxPieces p pick h (Some <$> ks) L2 = Ok (r, h', Some <$> ks', L2') /\
    delegated ks' h' (L1 ++ L2') /\ index <$> L2' = index <$> L2.
Proof.
  induction L2 as [|l L2 IH]; intros ks h L1 Hd Hpick; cbn [for_lists].
  { do 4 eexists. split; [reflexivity|done]. }
  destruct (full maxPieces (Some <$> ks)); [do 4 eexists; by split; [reflexivity|]|].
  assert (Hi : 0 <= index l < n).
  { pose proof (po_lists _ _ _ (d_pieces _ _ _ Hd)) as Hx. apply Forall_app in Hx as [_ [Hx _]%Forall_cons]. apply Hx. }
  destruct (Hpick l Hi) as (g & -> & Hg). res_simpl.
  assert (Hstep : exists h' ks' l',
    (if g then delegate_from_blocklist now maxPieces p h (Some <$> ks) l else Ok (h, Some <$> ks, l)) = Ok (h', Some <$> ks', l') /\
    delegated ks' h' ((L1 ++ [l']) ++ L2) /\ index l' = index l).
  { destruct g.
    - destruct (delegate_from_blocklist_ok ks h L1 l L2 Hd (Hg eq_refl)) as (h' & ks' & l' & -> & Hd' & Ei & _).
      do 3 eexists. split; [reflexivity|]. by rewrite <- app_assoc.
    - do 3 eexists. split; [reflexivity|]. by rewrite <- app_assoc. }
  destruct Hstep as (h' & ks' & l' & -> & Hd' & Ei). res_simpl.
  destruct (IH _ _ _ Hd' Hpick) as (r & h2 & ks2 & L2' & -> & Hd2 & E2). res_simpl. do 4 eexists. split; [reflexivity|].
  rewrite <- app_assoc in Hd2. split; [done|]. by rewrite !fmap_cons, Ei, E2.
Qed.

Lemma overlap_blocks_ok bs : forall ov ks h L1 l L2 pre,
  delegated ks h (L1 ++ with_blocks l (pre ++ bs) :: L2) -> ok (index l) ->
  exists ov' h' ks' bs', overlap_blocks now maxPieces p ov h (Some <$> ks) bs = Ok (ov', h', Some <$> ks', bs') /\
    delegated ks' h' (L1 ++ with_blocks l (pre ++ bs') :: L2).
Proof.
  induction bs as [|b bs IH]; intros ov ks h L1 l L2 pre Hd Hl; cbn [overlap_blocks].
  { by do 4 eexists. }
  destruct ((ov =? 0) || full maxPieces (Some <$> ks) || (ov <=? size_not_stalled b)) eqn:Ef; [by do 4 eexists|].
  apply orb_false_iff in Ef as [[_ Ef]%orb_false_iff _]. apply full_some in Ef.
  pose proof (block_wf _ _ _ _ _ _ _ _ Hd) as Hw. rewrite (is_finished_fin h b Hw). res_simpl.
  assert (Hskip : exists ov' h' ks' bs', overlap_blocks now maxPieces p ov h (Some <$> ks) bs = Ok (ov', h', Some <$> ks', bs') /\
    delegated ks' h' (L1 ++ with_blocks l (pre ++ b :: bs') :: L2)).
  { rewrite <- pass in Hd. destruct (IH ov _ _ _ _ _ _ Hd Hl) as (ov' & h' & ks' & bs' & -> & Hd').
    rewrite pass in Hd'. by do 4 eexists. }
  destruct (fin_block h b) eqn:Efb; cbn [negb]; res_simpl.
  { destruct Hskip as (ov' & h' & ks' & bs' & -> & Hd'). res_simpl. by do 4 eexists. }
  assert (Hfin : is_finished h b = Ok false) by (by rewrite (is_finished_fin h b Hw), Efb).
  destruct (turn ks h L1 l L2 pre b bs Hd Hl Ef Hfin) as [[-> _]|(k & h' & b' & -> & Hd')]; res_simpl.
  - destruct Hskip as (ov' & h' & ks' & bs' & -> & Hd'). res_simpl. by do 4 eexists.
  - rewrite some_snoc. destruct (IH (u16 (size_not_stalled b')) _ _ _ _ _ _ Hd' Hl) as (ov2 & h2 & ks2 & bs2 & -> & Hd2). res_simpl.
    rewrite pass in Hd2. by do 4 eexists.
Qed.

Lemma overlap_lists_ok bf L2 : Bitfield.ready n bf -> (forall i, Bitfield.bit bf i = true -> ok i) ->
  forall ov ks h L1, delegated ks h (L1 ++ L2) ->
  exists h' ks' L2', overlap_lists now maxPieces p bf ov h (Some <$> ks) L2 = Ok (h', Some <$> ks', L2') /\
    delegated ks' h' (L1 ++ L2') /\ index <$> L2' = index <$> L2.
Proof.
  intros Hbf Hbit. induction L2 as [|l L2 IH]; intros ov ks h L1 Hd; cbn [overlap_lists]; [by do 3 eexists|].
  destruct (full maxPieces (Some <$> ks)); [by do 3 eexists|].
  assert (Hi : 0 <= index l < n).
  { pose proof (po_lists _ _ _ (d_pieces _ _ _ Hd)) as Hx. apply Forall_app in Hx as [_ [Hx _]%Forall_cons]. apply Hx. }
  rewrite (Bitfield.get_bit n bf (index l) Hbf Hi). res_simpl.
  destruct (Bitfield.bit bf (index l) && negb (bool_decide (m_priority l = PRIORITY_OFF))) eqn:Eg; res_simpl.
  - apply andb_true_iff in Eg as [Eg _].
    rewrite <- (with_blocks_same l) in Hd. change (blocks l) with ([] ++ blocks l) in Hd.
    destruct (overlap_blocks_ok _ ov _ _ _ _ _ _ Hd (Hbit _ Eg)) as (ov' & h' & ks' & bs' & -> & Hd'). res_simpl.
    change (L1 ++ with_blocks l ([] ++ bs') :: L2) with (L1 ++ [with_blocks l bs'] ++ L2) in Hd'. rewrite app_assoc in Hd'.
    destruct (IH ov' _ _ _ Hd') as (h2 & ks2 & L2' & -> & Hd2 & E2). res_simpl. rewrite <- app_assoc in Hd2.
    do 3 eexists. split; [reflexivity|]. split; [done|]. by rewrite !fmap_cons, E2.
  - change (L1 ++ l :: L2) with (L1 ++ [l] ++ L2) in Hd. rewrite app_assoc in Hd.
    destruct (IH ov _ _ _ Hd) as (h2 & ks2 & L2' & -> & Hd2 & E2). res_simpl. rewrite <- app_assoc in Hd2.
    do 3 eexists. split; [reflexivity|]. split; [done|]. by rewrite !fmap_cons, E2.
Qed.

(** A new piece, no request in it yet. *)
Lemma delegated_append ks h ls l : delegated ks h ls -> list_wf n h l -> index l ∉ index <$> ls -> concat (members <$> blocks l) = [] ->
  delegated ks h (ls ++ [l]).
Proof.
  intros [[Hok Hl Hi Hmem] Hp Hq Hqm Hn Hf Hg Hfr Hsz Hm] Hw Hnew Hmi.
  assert (Hqi : concat (m_queued <$> blocks l) = []).
  { clear -Hmi. induction (blocks l) as [|b bs IH]; [done|]. rewrite fmap_cons in *. cbn [concat] in *.
    apply app_eq_nil in Hmi as [Hb Hmi]. apply app_eq_nil in Hb as [-> _]. by apply IH. }
  split; try done.
  - split; [done|apply Forall_app; by split; [|constructor]| |].
    + rewrite fmap_app. apply NoDup_app. split; [done|]. split; [|apply NoDup_singleton].
      intros i Hx ->%list_elem_of_singleton. done.
    + unfold all_members. by rewrite flat_app, flat_one, Hmi, app_nil_r.
  - rewrite fmap_app. by apply prefix_app_r.
  - unfold all_queued. by rewrite flat_app, flat_one, Hqi, app_nil_r.
  - unfold all_members. by rewrite flat_app, flat_one, Hmi, app_nil_r.
Qed.

End Grants.

Lemma insert_last {A} (l : list A) x y : <[length l := y]> (l ++ [x]) = l ++ [y].
Proof. induction l; simpl; [done|]. by rewrite IHl. Qed.

Lemma new_block_wf h a pc : Piece.m_length pc <> 0 -> wf h (new_block a pc).
Proof. intros Hl. split; try done; [apply NoDup_nil_2|]. exists [], []. by split_and!. Qed.

Lemma find_from_none ls idx : forall i, idx ∉ index <$> ls -> find_from ls i idx = None.
Proof.
  induction ls as [|l ls IH]; intros i Hn; [done|]. rewrite fmap_cons, not_elem_of_cons in Hn. destruct Hn as [Hne Hn]. simpl.
  rewrite (proj2 (Z.eqb_neq idx (index l))) by done. by apply IH.
Qed.

(** The piece that [TransferList::insert] appends. *)
Lemma insert_new_piece n h tl idx size : idx ∉ index <$> lists tl -> 0 <= idx < n ->
  0 < size -> size + block_size <= 2 ^ 32 ->
  exists l, TransferList.insert tl (Piece.mkPiece idx 0 size) block_size =
      Ok (length (lists tl), with_lists (call tl (SlotQueued idx)) (lists tl ++ [l])) /\
    list_wf n h l /\ index l = idx /\ concat (members <$> blocks l) = [] /\ exists b, head (blocks l) = Some b /\ idle b.
Proof.
  intros Hnew Hi Hs Hb. unfold TransferList.insert, find. cbn [Piece.m_index]. rewrite find_from_none by done. res_simpl.
  destruct (new_block_list_tiles (Piece.mkPiece idx 0 size) block_size) as (l & E & [Ht Hc] & Hf0 & _); [done|done|done|].
  rewrite E. res_simpl. exists l. split; [done|].
  assert (Ei : index l = idx).
  { unfold new_block_list in E. res_inv. done. }
  assert (Hnb : Forall (fun b => members b = [] /\ idle b /\ exists a pc, b = new_block a pc) (blocks l)).
  { apply Forall_lookup. intros i b Hb'. destruct (Ht i b Hb') as [-> _]. split; [done|]. by split; [|do 2 eexists]. }
  split_and!.
  - split; [lia| | |].
    + intros i b Hib. destruct (Ht i b Hib) as [-> Hlt]. cbn [Piece.m_length] in Hlt. split; [|by rewrite Ei].
      apply new_block_wf. cbn [Piece.m_length]. change block_size with 16384 in *. lia.
    + rewrite Hf0. rewrite (proj2 (count_zero done_block (blocks l))); [done|]. eapply Forall_impl; [exact Hnb|]. by intros b (_ & _ & a & pc & ->).
    + apply Z.nle_gt. intros Hge. unfold BlockList.size, zlen in Hge.
      destruct (lookup_lt_is_Some_2 (blocks l) (length (blocks l) - 1)) as [b Hlast]; [lia|]. destruct (Ht _ _ Hlast) as [_ Hlt].
      cbn [Piece.m_length] in Hlt. change block_size with 16384 in *. lia.
  - done.
  - clear -Hnb. induction Hnb as [|b bs [Hq _] _ IH]; [done|]. rewrite fmap_cons. simpl. by rewrite Hq.
  - destruct (Hc 0) as [b Hb0]; [simpl; lia|]. rewrite Z.div_0_l in Hb0 by done. exists b.
    destruct (blocks l) as [|x bs]; [done|]. injection Hb0 as ->. apply Forall_cons in Hnb as [(_ & ? & _) _]. done.
Qed.

(** ** What the slots promise

    [src_inv s pc used]: the source [s] serves the peer [pc] and knows that the
    chunks [used] are taken.  A chunk it names is not taken and the peer has
    it, and it accepts to be told of its use. *)
Class ChunkSourceOk (S : Type) `{ChunkSource S} (n : Z) (src_inv : S -> PeerChunks -> list Z -> Prop) := {
  find_promise s pc used high : src_inv s pc used ->
    exists i s' pc', slot_chunk_find s pc high = Ok (i, s', pc') /\
      m_bitfield pc' = m_bitfield pc /\ src_inv s' pc' used /\
      (i = no_index \/
       0 <= i < n /\ (i ∉ used) /\ Bitfield.bit (m_bitfield pc) i = true /\
       exists s2, slot_queued s' i = Ok s2 /\ src_inv s2 pc' (used ++ [i]))
}.

Section Work.
Context {S : Type} `{HS : ChunkSource S} (n : Z) (src_inv : S -> PeerChunks -> list Z -> Prop) `{!ChunkSourceOk S n src_inv}.
Context (chunk_size : Z -> Z) (now : Z) (p : nat) (maxPieces : Z) (affinity : option Z) (bf : Bitfield.Bitfield).
Context (h0 : Heap) (ls0 : list BlockList).

Hypothesis sizes : forall i, 0 <= i < n -> 0 < chunk_size i /\ chunk_size i + block_size <= 2 ^ 32.
Hypothesis room : Z.of_nat (base.size (transfers h0)) + maxPieces < 2 ^ 32.
Hypothesis bits : Bitfield.ready n bf.

(** The peer has the chunk, or it is the one it worked on last. *)
Definition askable (i : Z) : Prop := Bitfield.bit bf i = true \/ affinity = Some i.

Record good (ks : list nat) (w : work S) : Prop := {
  g_delegated : delegated n maxPieces p askable h0 ls0 ks (heap w) (lists (transfer_list w));
  g_found : found w = Some <$> ks;
  g_source : src_inv (source w) (peer w) (index <$> lists (transfer_list w));
  g_bits : m_bitfield (peer w) = bf
}.

Lemma existing_ok ks w pick : good ks w ->
  (forall l, 0 <= index l < n -> exists g, pick l = Ok g /\ (g = true -> askable (index l))) ->
  exists r w' ks', existing now p maxPieces pick w = Ok (r, w') /\ good ks' w'.
Proof.
  intros [Hd Hf Hs Hb] Hpick. unfold existing. rewrite Hf.
  destruct (for_lists_ok n maxPieces now p askable h0 ls0 room pick _ ks _ [] Hd Hpick) as (r & h' & ks' & ls' & -> & Hd' & Ei).
  res_simpl. do 3 eexists. split; [reflexivity|]. split; [done|done| |done].
  cbn [source peer transfer_list with_lists lists]. by rewrite Ei.
Qed.

Lemma of_priority_ok prio (w : work S) : m_bitfield (peer w) = bf ->
  forall l, 0 <= index l < n -> exists g, of_priority prio w l = Ok g /\ (g = true -> askable (index l)).
Proof.
  intros Hb l Hl. unfold of_priority. rewrite Hb. destruct (bool_decide _); [|by eexists].
  rewrite (Bitfield.get_bit n bf (index l) bits Hl). eexists. split; [reflexivity|]. by left.
Qed.

Lemma new_chunks_loop_ok fuel high : forall ks w, good ks w -> maxPieces - zlen ks <= Z.of_nat fuel ->
  exists w' ks', new_chunks_loop chunk_size now p fuel maxPieces high w = Ok w' /\ good ks' w'.
Proof.
  induction fuel as [|fuel IH]; intros ks w Hg Hm; pose proof Hg as [Hd Hf Hs Hb]; cbn [new_chunks_loop]; rewrite Hf.
  { destruct (full maxPieces (Some <$> ks)) eqn:Ef; [by do 2 eexists|]. apply full_some in Ef. lia. }
  destruct (full maxPieces (Some <$> ks)) eqn:Ef; [by do 2 eexists|]. apply full_some in Ef.
  destruct (find_promise _ _ _ high Hs) as (i & s' & pc' & -> & Hb' & Hs' & Hcase). res_simpl.
  destruct Hcase as [->|(Hi & Hnew & Hbit & s2 & Hq & Hs2)].
  { rewrite Z.eqb_refl. do 2 eexists. split; [reflexivity|]. split; try done. by rewrite <- Hb. }
  assert (n <= 2 ^ 32 - 8) by (destruct bits as ([[? _] _] & _ & <-); lia).
  rewrite (proj2 (Z.eqb_neq i no_index)) by (unfold no_index; lia).
  destruct (sizes i Hi) as [Hz1 Hz2].
  destruct (insert_new_piece n (heap w) (transfer_list w) i (chunk_size i) Hnew Hi Hz1 Hz2) as (l & -> & Hw & Ei & Hqi & b & Hhd & Hidle).
  res_simpl. rewrite Hq. res_simpl. cbn [with_lists lists]. rewrite list_lookup_middle by done. res_simpl.
  set (l1 := set_priority _ _).
  assert (Hd1 : delegated n maxPieces p askable h0 ls0 ks (heap w) (lists (transfer_list w) ++ l1 :: [])).
  { apply delegated_append; [done|by apply (list_wf_fields n _ l)|by rewrite <- Ei in Hnew|done]. }
  destruct (delegate_from_blocklist_ok n maxPieces now p askable h0 ls0 room ks _ _ l1 [] Hd1) as (h2 & ks2 & l2 & -> & Hd2 & El & Hp).
  { left. change (index l1) with (index l). by rewrite Ei, <- Hb. }
  res_simpl. specialize (Hp b Hhd Hidle Ef). apply (IH ks2); [|lia]. split; try done.
  - cbn [heap transfer_list set_list with_lists lists call]. by rewrite insert_last.
  - cbn [source peer transfer_list set_list with_lists lists call]. rewrite insert_last.
    rewrite fmap_app, fmap_cons, El. change (index l1) with (index l). by rewrite Ei.
  - by rewrite <- Hb.
Qed.

Lemma delegate_new_chunks_ok high ks w : good ks w ->
  exists w' ks', delegate_new_chunks chunk_size now p maxPieces high w = Ok w' /\ good ks' w'.
Proof.
  intros Hg. apply (new_chunks_loop_ok _ _ ks); [done|]. pose proof (d_max _ _ _ _ _ _ _ _ _ (g_delegated _ _ Hg)).
  pose proof (zlen_nonneg ks). lia.
Qed.

Lemma delegate_to_seeder_ok ks w : good ks w -> exists r w' ks', delegate_to_seeder chunk_size now p maxPieces w = Ok (r, w') /\ good ks' w'.
Proof.
  intros Hg. unfold delegate_to_seeder. destruct (is_seeder (peer w)) eqn:Es; [|by do 3 eexists].
  assert (Hall : forall i, 0 <= i < n -> askable i).
  { left. unfold is_seeder in Es. rewrite (g_bits _ _ Hg) in Es. rewrite (Bitfield.is_all_set_iff n bf bits) in Es. by apply Es. }
  destruct (existing_ok ks w (fun l => Ok (m_bySeeder l)) Hg) as (r & w1 & ks1 & -> & Hg1).
  { intros l Hl. eexists. split; [reflexivity|]. intros _. by apply Hall. }
  res_simpl. destruct r; [by do 3 eexists|].
  destruct (delegate_new_chunks_ok true ks1 w1 Hg1) as (w2 & ks2 & -> & Hg2). res_simpl.
  destruct (delegate_new_chunks_ok false ks2 w2 Hg2) as (w3 & ks3 & -> & Hg3). res_simpl. by do 3 eexists.
Qed.

Lemma delegate_aggressive_ok ks w : good ks w -> exists w' ks', delegate_aggressive now p maxPieces w = Ok w' /\
  good ks' w'.
Proof.
  intros [Hd Hf Hs Hb]. unfold delegate_aggressive. rewrite Hf, Hb.
  destruct (overlap_lists_ok n maxPieces now p askable h0 ls0 room bf (lists (transfer_list w)) bits
    (fun i Hi => or_introl Hi) 5 ks (heap w) [] Hd) as (h' & ks' & ls' & -> & Hd' & Ei). res_simpl. do 2 eexists. split; [reflexivity|]. split; try done. cbn [source peer transfer_list with_lists lists]. by rewrite Ei.
Qed.

Lemma delegate_ok aggressive tl s pc : ls0 = lists tl -> 0 <= maxPieces -> pieces_ok n h0 ls0 ->
  src_inv s pc (index <$> ls0) -> m_bitfield pc = bf ->
  exists w ks, delegate chunk_size now p aggressive affinity maxPieces h0 tl s pc = Ok w /\ good ks w.
Proof.
  intros El Hmax Hp Hs Hb. unfold delegate. set (w0 := mkWork h0 tl s pc []).
  assert (Hg0 : good [] w0).
  { split; try done; cbn [w0 heap transfer_list source peer]; rewrite <- El; [|done]. split; try done.
    - by rewrite app_nil_r.
    - by rewrite app_nil_r.
    - apply NoDup_nil_2.
    - unfold zlen. simpl. lia. }
  assert (Haff : exists r w1 ks1, match affinity with
            | Some a => existing now p maxPieces (fun l => Ok (a =? index l)) w0 | None => Ok (false, w0) end = Ok (r, w1) /\ good ks1 w1).
  { destruct affinity as [a|] eqn:Ea; [|by do 3 eexists]. apply (existing_ok [] w0); [done|]. intros l Hl. eexists. split; [reflexivity|].
    intros E. bool_prop. right. congruence. }
  destruct Haff as (r1 & w1 & ks1 & -> & Hg1). res_simpl. destruct r1; [by do 2 eexists|].
  destruct (delegate_to_seeder_ok ks1 w1 Hg1) as (r2 & w2 & ks2 & -> & Hg2). res_simpl. destruct r2; [by do 2 eexists|].
  destruct (full maxPieces (found w2)); [by do 2 eexists|].
  destruct (existing_ok ks2 w2 (of_priority PRIORITY_HIGH w2) Hg2) as (r3 & w3 & ks3 & -> & Hg3); [apply of_priority_ok, Hg2|].
  res_simpl. destruct r3; [by do 2 eexists|].
  destruct (delegate_new_chunks_ok true ks3 w3 Hg3) as (w4 & ks4 & -> & Hg4). res_simpl.
  destruct (existing_ok ks4 w4 (of_priority PRIORITY_NORMAL w4) Hg4) as (r5 & w5 & ks5 & -> & Hg5); [apply of_priority_ok, Hg4|].
  res_simpl. destruct r5; [by do 2 eexists|].
  destruct (delegate_new_chunks_ok false ks5 w5 Hg5) as (w6 & ks6 & -> & Hg6). res_simpl.
  destruct (negb aggressive); [by do 2 eexists|]. by apply (delegate_aggressive_ok ks6).
Qed.

End Work.

(** A request that waits in a block was made for that block. *)
Lemma queued_block n h ls k : Forall (list_wf n h) ls -> k ∈ all_queued ls ->
  exists l b t, l ∈ ls /\ b ∈ blocks l /\ k ∈ m_queued b /\ transfers h !! k = Some t /\ m_block t = Some (self b) /\
    fst (self b) = index l.
Proof.
  intros Hl (l & b & Hin & Hb & Hk)%elem_of_flat.
  rewrite Forall_forall in Hl. pose proof (Hl l Hin) as [_ Hw]. apply list_elem_of_lookup in Hb as [i Hb].
  destruct (Hw i b Hb) as [Hwf Hs]. pose proof (wf_queued h b Hwf) as Hq. rewrite Forall_forall in Hq.
  destruct (Hq k Hk) as (t & Ht & _ & Hbl & _). exists l, b, t. rewrite Hs.
  split_and!; try done; [by eapply list_elem_of_lookup_2|congruence].
Qed.

(** What a call of [delegate] has done when it returned the requests [ks]. *)
Record grant {S : Type} (n : Z) (p : nat) (affinity : option Z) (maxPieces : Z) (h : Heap) (tl : TransferList)
    (pc : PeerChunks) (ks : list nat) (w : work S) : Prop := {
  grant_max : zlen ks <= maxPieces;
  grant_nodup : NoDup ks;
  grant_new : forall k, k ∈ ks -> transfers h !! k = None;
  grant_block : forall k, k ∈ ks -> exists l b t,
    l ∈ lists (transfer_list w) /\ b ∈ blocks l /\ k ∈ m_queued b /\
    transfers (heap w) !! k = Some t /\ m_peer_info t = Some p /\ m_block t = Some (self b) /\
    (Bitfield.bit (m_bitfield pc) (index l) = true \/ affinity = Some (index l));
  grant_only : all_queued (lists (transfer_list w)) ≡ₚ all_queued (lists tl) ++ ks;
  grant_frame : forall j, j ∉ ks -> transfers (heap w) !! j = transfers h !! j;
  grant_pieces : (index <$> lists tl) `prefix_of` (index <$> lists (transfer_list w));
  grant_ok : pieces_ok n (heap w) (lists (transfer_list w))
}.

(** C29: [delegate] always returns, with at most the number of requests asked
    for, whatever the pieces in progress and the mode.  Each is a new transfer
    of this peer, it waits in a block of a piece in progress, and the peer has
    that piece or worked on it last.  Nothing else changes in the blocks and in
    the store, no piece leaves the list, the invariant of all blocks is kept,
    and so is the promise of the chunk selector that it hands out no piece in
    progress.  The loop over new chunks ends since every new piece has a block
    to ask for. *)
Theorem delegate_grants {S : Type} `{HS : ChunkSource S} (n : Z) (src_inv : S -> PeerChunks -> list Z -> Prop)
    `{!ChunkSourceOk S n src_inv} (chunk_size : Z -> Z) (now : Z) (p : nat) (aggressive : bool) (affinity : option Z)
    (maxPieces : Z) (h : Heap) (tl : TransferList) (s : S) (pc : PeerChunks) :
  (forall i, 0 <= i < n -> 0 < chunk_size i /\ chunk_size i + block_size <= 2 ^ 32) ->
  0 <= maxPieces -> Z.of_nat (base.size (transfers h)) + maxPieces < 2 ^ 32 ->
  Bitfield.ready n (m_bitfield pc) -> pieces_ok n h (lists tl) -> src_inv s pc (index <$> lists tl) ->
  exists w ks, delegate chunk_size now p aggressive affinity maxPieces h tl s pc = Ok w /\
    found w = Some <$> ks /\ grant n p affinity maxPieces h tl pc ks w /\
    src_inv (source w) (peer w) (index <$> lists (transfer_list w)).
Proof.
  intros Hsz Hmax Hroom Hbf Hp Hs.
  destruct (delegate_ok n src_inv chunk_size now p maxPieces affinity (m_bitfield pc) h (lists tl) Hsz Hroom Hbf
    aggressive tl s pc eq_refl Hmax Hp Hs eq_refl) as (w & ks & E & [Hd Hf Hsrc _]).
  exists w, ks. split; [done|]. split; [done|]. split; [|done].
  destruct Hd as [Hpo Hpre Hq _ Hn Hfr Hg Hframe _ Hm]. rewrite Forall_forall in Hfr, Hg.
  split; try done. intros k Hk.
  destruct (queued_block n (heap w) (lists (transfer_list w)) k) as (l & b & t & Hl & Hb & Hkb & Ht & Hbl & Ei).
  { by apply Hpo. }
  { rewrite Hq. apply elem_of_app. by right. }
  destruct (Hg k Hk) as (t' & a & Ht' & Hpt & Hbt & Ha). rewrite Ht in Ht'. injection Ht' as <-.
  rewrite Hbl in Hbt. injection Hbt as <-. rewrite Ei in Ha. exists l, b, t. by split_and!.
Qed.

(** ** The chunk selector behind the slots

    The state is the selector and the values [random()] will return. *)
Definition selector_state : Type := (nat -> Z * Z) * ChunkSelector.ChunkSelector.

Definition selector_find (s : selector_state) (pc : PeerChunks) (highPriority : bool) : res (Z * selector_state * PeerChunks) :=
  let '(r1, r2) := fst s O in
  '(i, cs, pc) ← ChunkSelector.find r1 r2 (snd s) pc;
  Ok (i, (fun k => fst s (S k), cs), pc).
Definition selector_queued (s : selector_state) (i : Z) : res selector_state :=
  cs ← ChunkSelector.using_index (snd s) i; Ok (fst s, cs).

#[global] Instance selector_source : ChunkSource selector_state :=
  {| slot_chunk_find := selector_find; slot_queued := selector_queued |}.

Definition selector_inv (n : Z) (s : selector_state) (pc : PeerChunks) (used : list Z) : Prop :=
  0 < n /\ ChunkSelector.inv n (snd s) pc /\
  Forall (fun i => 0 <= i < n /\ Bitfield.bit (ChunkSelector.untouched_bitfield (snd s)) i = false) used.

#[global] Instance selector_keeps_promise n : ChunkSourceOk selector_state n (selector_inv n).
Proof.
  split. intros [rnd cs] pc used high (Hn & Hinv & Hused). unfold slot_chunk_find, slot_queued, selector_source, selector_find, selector_queued. cbn [fst snd] in *.
  destruct (rnd O) as [r1 r2]. destruct (ChunkSelector.find_ok n r1 r2 cs pc Hn Hinv) as (i & cs' & pc' & E & Hsel & Hinv').
  rewrite E. res_simpl. destruct (ChunkSelector.find_keeps r1 r2 cs pc i cs' pc' E) as [Eu Eb].
  do 3 eexists. split; [reflexivity|]. split; [done|]. split; [split_and!; cbn [snd]; rewrite ?Eu; done|].
  destruct Hsel as [[-> _]|(Hi & Hbit & Hpb)]; [by left|right]. split; [done|]. split.
  { intros Hin. rewrite Forall_forall in Hused. destruct (Hused i Hin) as [_ Hx]. by rewrite Hx in Hbit. }
  split; [done|]. cbn [fst snd].
  destruct (ChunkSelector.using_index_ok n cs' pc' i Hn Hinv' Hi) as (cs2 & -> & Hinv2 & Hb2); [by rewrite Eu|].
  res_simpl. eexists. split; [reflexivity|]. split; [done|]. split; [done|]. cbn [snd]. apply Forall_app. split.
  - eapply Forall_impl; [exact Hused|]. intros j [Hj Hx]. cbn [snd] in Hx. split; [done|]. rewrite Hb2, Eu, Hx by done. apply andb_false_r.
  - constructor; [|constructor]. split; [done|]. rewrite Hb2, Z.eqb_refl by done. done.
Qed.

(** A peer that has chunk 2 asks for three requests; nothing is in progress. *)
Definition sample_source : selector_state := (fun _ => (1, 0), ChunkSelector.sample_selector).
Definition no_transfers : TransferList := mkTransferList [] [] 0 0 [].

Lemma delegate_grants_witness :
  exists w ks, delegate (fun _ => 40000) 0 1 true None 3 empty_heap no_transfers sample_source ChunkSelector.sample_pc = Ok w /\
    found w = [Some 0%nat; Some 1%nat; Some 2%nat] /\
    grant 4 1 None 3 empty_heap no_transfers ChunkSelector.sample_pc ks w.
Proof.
  destruct (delegate_grants 4 (selector_inv 4) (fun _ => 40000) 0 1 true None 3 empty_heap no_transfers sample_source
    ChunkSelector.sample_pc) as (w & ks & H1 & H2 & H3 & _).
  - intros i _. split; [lia|]. vm_compute. discriminate.
  - lia.
  - reflexivity.
  - by apply Bitfield.ready_check_ready.
  - split; [apply sample_block_inv|constructor|apply NoDup_nil_2|apply NoDup_nil_2].
  - split; [lia|]. split; [exact ChunkSelector.sample_selector_inv|constructor].
  - exists w, ks. split; [exact H1|]. split; [|exact H3]. vm_compute in H1. injection H1 as <-. reflexivity.
Defined.

End Delegator.
