(* ===== verification/RequestList.v ===== *)
(** * The requests of a peer (src/protocol/request_list.cc, request_list.h,
    src/utils/queue_buckets.h)

    A connection keeps the requests it sent in four queues: the queued ones,
    those that were skipped by the peer, the stalled and the choked ones, and
    apart from them the one that is being received.  The requests are the
    transfers of the blocks; the queues hold their names.  The theorems show
    that the list and the blocks agree after every call, and what is done with
    an incoming piece. *)

From S2P Require Import Prelude Scheduler Bitfield ChunkStatistics ProtocolBase Block TransferList Delegator.

(** ** An array of queues (queue_buckets.h); an iterator is a position. *)
Module QueueBuckets.
Section QueueBuckets.
Context {A : Type}.

Abbreviation queue_buckets := (list (list A)).

Definition queue_at (q : queue_buckets) (idx : nat) : res (list A) := of_deref (q !! idx).
Definition queue_size (q : queue_buckets) (idx : nat) : res Z := l ← queue_at q idx; Ok (zlen l).
Definition queue_empty (q : queue_buckets) (idx : nat) : res bool :=
  l ← queue_at q idx; Ok (match l with [] => true | _ => false end).
Definition set_queue (q : queue_buckets) (idx : nat) (l : list A) : queue_buckets := <[idx := l]> q.

Definition empty (q : queue_buckets) : bool := forallb (fun l => match l with [] => true | _ => false end) q.

Definition front (q : queue_buckets) (idx : nat) : res A := l ← queue_at q idx; of_deref (head l).
Definition back (q : queue_buckets) (idx : nat) : res A := l ← queue_at q idx; of_deref (last l).

Definition pop_front (q : queue_buckets) (idx : nat) : res queue_buckets :=
  l ← queue_at q idx;
  match l with [] => UB | _ :: l => Ok (set_queue q idx l) end.
Definition pop_back (q : queue_buckets) (idx : nat) : res queue_buckets :=
  l ← queue_at q idx;
  match l with [] => UB | _ => Ok (set_queue q idx (removelast l)) end.
Definition pop_and_front (q : queue_buckets) (idx : nat) : res (A * queue_buckets) :=
  v ← front q idx; q ← pop_front q idx; Ok (v, q).
Definition pop_and_back (q : queue_buckets) (idx : nat) : res (A * queue_buckets) :=
  v ← back q idx; q ← pop_back q idx; Ok (v, q).

Definition push_front (q : queue_buckets) (idx : nat) (v : A) : res queue_buckets :=
  l ← queue_at q idx; Ok (set_queue q idx (v :: l)).
Definition push_back (q : queue_buckets) (idx : nat) (v : A) : res queue_buckets :=
  l ← queue_at q idx; Ok (set_queue q idx (l ++ [v])).

Definition take (q : queue_buckets) (idx itr : nat) : res (A * queue_buckets) :=
  l ← queue_at q idx;
  v ← of_deref (l !! itr);
  Ok (v, set_queue q idx (delete itr l)).

(** The range [[first, last)) of a queue: what is before, in and after it. *)
Definition range (l : list A) (first last : nat) : res (list A * list A * list A) :=
  _ ← ub_when (negb ((first <=? last)%nat && (last <=? length l)%nat));
  Ok (list.take first l, list.take (last - first) (drop first l), drop last l).

(** [std::for_each] with a function that changes the state [w]. *)
Fixpoint for_each {W} (f : W -> A -> res W) (w : W) (l : list A) : res W :=
  match l with
  | [] => Ok w
  | a :: l => w ← f w a; for_each f w l
  end.

Definition destroy {W} (f : W -> A -> res W) (w : W) (q : queue_buckets) (idx first last : nat) : res (W * queue_buckets) :=
  l ← queue_at q idx;
  '(pre, mid, post) ← range l first last;
  w ← for_each f w mid;
  Ok (w, set_queue q idx (pre ++ post)).

Definition clear {W} (f : W -> A -> res W) (w : W) (q : queue_buckets) (idx : nat) : res (W * queue_buckets) :=
  l ← queue_at q idx;
  destroy f w q idx 0 (length l).

(** Appending a range of a queue to that queue would invalidate the range. *)
Definition move_to (q : queue_buckets) (src_idx first last dst_idx : nat) : res queue_buckets :=
  src ← queue_at q src_idx;
  dst ← queue_at q dst_idx;
  '(pre, mid, post) ← range src first last;
  if (match dst with [] => true | _ => false end) && (first =? 0)%nat && (last =? length src)%nat
  then Ok (set_queue (set_queue q dst_idx src) src_idx dst)
  else
    _ ← ub_when (src_idx =? dst_idx)%nat;
    Ok (set_queue (set_queue q dst_idx (dst ++ mid)) src_idx (pre ++ post)).

Definition move_all_to (q : queue_buckets) (src_idx dst_idx : nat) : res queue_buckets :=
  src ← queue_at q src_idx;
  move_to q src_idx 0 (length src) dst_idx.

Definition queue_bucket_for_all_in_queue {W} (f : W -> A -> res W) (w : W) (q : queue_buckets) (idx : nat) : res W :=
  l ← queue_at q idx; for_each f w l.

(** [std::find_if]: the position, the length for [end()]. *)
Fixpoint find_if (p : A -> res bool) (l : list A) : res nat :=
  match l with
  | [] => Ok O
  | a :: l => b ← p a; if (b : bool) then Ok O else i ← find_if p l; Ok (S i)
  end.

(** The first queue from [i] on that has such an element, and its position;
    the number of queues when none has. *)
Fixpoint find_in_queues (p : A -> res bool) (q : queue_buckets) (i : nat) (last_end : nat) : res (nat * nat) :=
  match q with
  | [] => Ok (i, last_end)
  | l :: q =>
      itr ← find_if p l;
      if negb (itr =? length l)%nat then Ok (i, itr) else find_in_queues p q (S i) (length l)
  end.
Definition queue_bucket_find_if_in_any (p : A -> res bool) (q : queue_buckets) : res (nat * nat) :=
  find_in_queues p q 0 0.

(** ** The elements of all queues *)

Lemma concat_set (q : queue_buckets) i l l' : q !! i = Some l -> concat (set_queue q i l') ++ l ≡ₚ concat q ++ l'.
Proof.
  revert i. induction q as [|x q IH]; intros [|i] Hi; [done|done| |].
  - injection Hi as ->. simpl. rewrite <- !app_assoc, (Permutation_app_comm l' (concat q ++ l)), (Permutation_app_comm (concat q) l).
    by rewrite <- !app_assoc.
  - simpl. rewrite <- !app_assoc. apply Permutation_app_head. by apply IH.
Qed.

Lemma queue_at_ok (q : queue_buckets) i : (i < length q)%nat -> exists l, queue_at q i = Ok l /\ q !! i = Some l.
Proof. intros [l Hl]%lookup_lt_is_Some_2. exists l. unfold queue_at. by rewrite Hl. Qed.

Lemma range_ok l first last : (first <= last)%nat -> (last <= length l)%nat ->
  exists pre mid post, range l first last = Ok (pre, mid, post) /\ l = pre ++ mid ++ post /\ length pre = first /\
    length mid = (last - first)%nat.
Proof.
  intros H1 H2. unfold range. rewrite (proj2 (Nat.leb_le first last)), (proj2 (Nat.leb_le last (length l))) by done. res_simpl.
  do 3 eexists. split; [reflexivity|]. split; [|rewrite !length_take, length_drop; lia].
  rewrite <- (take_drop first l) at 1. f_equal. rewrite <- (take_drop (last - first) (drop first l)) at 1. f_equal.
  rewrite drop_drop. f_equal. lia.
Qed.

Lemma move_to_ok (q : queue_buckets) src first last dst l : src <> dst -> (dst < length q)%nat -> q !! src = Some l ->
  (first <= last)%nat -> (last <= length l)%nat ->
  exists q', move_to q src first last dst = Ok q' /\ length q' = length q /\ concat q' ≡ₚ concat q /\
    (first = 0%nat -> (last < length l)%nat -> q' !! src = Some (drop last l)) /\
    (forall i, i <> src -> i <> dst -> q' !! i = q !! i).
Proof.
  intros Hne Hd Hs H1 H2. destruct (queue_at_ok q dst Hd) as (d & Ed & Hdq). unfold move_to.
  assert (queue_at q src = Ok l) as -> by (unfold queue_at; by rewrite Hs). res_simpl. rewrite Ed. res_simpl.
  destruct (range_ok l first last H1 H2) as (pre & mid & post & -> & El & Hp & Hm). res_simpl.
  assert (Hset : forall x y, concat (set_queue (set_queue q dst x) src y) ++ l ++ d ≡ₚ concat q ++ x ++ y).
  { intros x y. pose proof (concat_set q dst d x Hdq) as A1.
    assert (A2 : concat (set_queue (set_queue q dst x) src y) ++ l ≡ₚ concat (set_queue q dst x) ++ y).
    { apply concat_set. unfold set_queue. by rewrite list_lookup_insert_ne. }
    rewrite app_assoc, A2, <- app_assoc, (Permutation_app_comm y d), app_assoc, A1. by rewrite <- app_assoc. }
  assert (Hcancel : forall X x y, X ++ l ++ d ≡ₚ concat q ++ x ++ y -> x ++ y ≡ₚ l ++ d -> X ≡ₚ concat q).
  { intros X x y E Exy. rewrite Exy in E. by apply Permutation_app_inv_r in E. }
  destruct ((match d with [] => true | _ => false end) && (first =? 0)%nat && (last =? length l)%nat) eqn:Ec.
  - apply andb_true_iff in Ec as [[Ec1 _]%andb_true_iff Ec2]. apply Nat.eqb_eq in Ec2.
    eexists. split; [reflexivity|]. split; [unfold set_queue; by rewrite !length_insert|]. split; [by eapply Hcancel|]. split; [intros; lia|].
    intros i Hi Hj. unfold set_queue. by rewrite !list_lookup_insert_ne.
  - rewrite (proj2 (Nat.eqb_neq src dst)) by done. res_simpl. eexists. split; [reflexivity|].
    split; [unfold set_queue; by rewrite !length_insert|]. split_and!.
    + eapply Hcancel; [apply Hset|]. rewrite El, <- !app_assoc. rewrite (Permutation_app_comm d), <- !app_assoc.
      rewrite (Permutation_app_swap_app mid pre). apply Permutation_app_head. done.
    + intros -> Hlt. destruct pre; [|done]. simpl. unfold set_queue. rewrite list_lookup_insert_eq.
      * f_equal. rewrite El. simpl. rewrite drop_app_length'; [done|lia].
      * rewrite length_insert. by eapply lookup_lt_Some.
    + intros i Hi Hj. unfold set_queue. by rewrite !list_lookup_insert_ne.
Qed.

Lemma move_all_to_ok (q : queue_buckets) src dst : src <> dst -> (src < length q)%nat -> (dst < length q)%nat ->
  exists q', move_all_to q src dst = Ok q' /\ length q' = length q /\ concat q' ≡ₚ concat q /\
    (forall i, i <> src -> i <> dst -> q' !! i = q !! i).
Proof.
  intros Hne Hs Hd. destruct (queue_at_ok q src Hs) as (l & El & Hl). unfold move_all_to. rewrite El. res_simpl.
  destruct (move_to_ok q src 0 (length l) dst l) as (q' & E & H1 & H2 & _ & H3); try done; [lia|]. by exists q'.
Qed.

Lemma take_ok (q : queue_buckets) idx itr l k : q !! idx = Some l -> l !! itr = Some k ->
  exists q', take q idx itr = Ok (k, q') /\ length q' = length q /\ concat q ≡ₚ k :: concat q'.
Proof.
  intros Hq Hl. unfold take, queue_at. rewrite Hq. res_simpl. rewrite Hl. res_simpl. eexists. split; [reflexivity|].
  split; [unfold set_queue; by rewrite length_insert|].
  pose proof (concat_set q idx l (delete itr l) Hq) as E. set (X := concat (set_queue _ _ _)) in *.
  assert (E2 : (k :: X) ++ delete itr l ≡ₚ concat q ++ delete itr l).
  { rewrite <- E. rewrite <- app_comm_cons, Permutation_middle. apply Permutation_app_head. symmetry. by apply delete_Permutation. }
  apply Permutation_app_inv_r in E2. done.
Qed.

Lemma destroy_ok {W} (f : W -> A -> res W) w w' (q : queue_buckets) idx first last l pre mid post : q !! idx = Some l ->
  range l first last = Ok (pre, mid, post) -> l = pre ++ mid ++ post -> for_each f w mid = Ok w' ->
  exists q', destroy f w q idx first last = Ok (w', q') /\ length q' = length q /\ concat q ≡ₚ mid ++ concat q'.
Proof.
  intros Hq Hr El Hf. unfold destroy, queue_at. rewrite Hq. res_simpl. rewrite Hr. res_simpl. rewrite Hf. res_simpl.
  eexists. split; [reflexivity|]. split; [unfold set_queue; by rewrite length_insert|].
  pose proof (concat_set q idx l (pre ++ post) Hq) as E. set (X := concat (set_queue _ _ _)) in *.
  assert (E2 : (mid ++ X) ++ pre ++ post ≡ₚ concat q ++ pre ++ post).
  { rewrite <- E, El, <- app_assoc. rewrite (Permutation_app_swap_app mid X), (Permutation_app_swap_app mid pre). done. }
  apply Permutation_app_inv_r in E2. done.
Qed.

End QueueBuckets.
End QueueBuckets.

Module RequestList.
Import QueueBuckets SchedulerEntry PeerChunks BlockTransfer Block BlockList TransferList.

Definition bucket_count : nat := 4.
Definition bucket_queued : nat := 0.
Definition bucket_unordered : nat := 1.
Definition bucket_stalled : nat := 2.
Definition bucket_choked : nat := 3.

(** Closes the bounds of the queue numbers. *)
Ltac bucket := unfold bucket_queued, bucket_unordered, bucket_stalled, bucket_choked, bucket_count; lia.

Definition timeout_remove_choked : Z := seconds 6.
Definition timeout_choked_received : Z := seconds 60.
Definition timeout_process_unordered : Z := seconds 60.

Record RequestList := mkRequestList {
  m_transfer : option nat;
  m_queues : list (list nat);
  m_affinity : option Z;
  m_last_choke : Z;
  m_last_unchoke : Z;
  m_last_unordered_position : Z;
  m_delay_remove_choked : entry;
  m_delay_process_unordered : entry
}.

Definition new_request_list : RequestList := mkRequestList None (replicate bucket_count []) None 0 0 0 None None.

Definition with_transfer (rl : RequestList) (t : option nat) : RequestList :=
  mkRequestList t (m_queues rl) (m_affinity rl) (m_last_choke rl) (m_last_unchoke rl) (m_last_unordered_position rl)
    (m_delay_remove_choked rl) (m_delay_process_unordered rl).
Definition with_queues (rl : RequestList) (q : list (list nat)) : RequestList :=
  mkRequestList (m_transfer rl) q (m_affinity rl) (m_last_choke rl) (m_last_unchoke rl) (m_last_unordered_position rl)
    (m_delay_remove_choked rl) (m_delay_process_unordered rl).
Definition with_affinity (rl : RequestList) (a : option Z) : RequestList :=
  mkRequestList (m_transfer rl) (m_queues rl) a (m_last_choke rl) (m_last_unchoke rl) (m_last_unordered_position rl)
    (m_delay_remove_choked rl) (m_delay_process_unordered rl).
Definition with_choke (rl : RequestList) (t : Z) : RequestList :=
  mkRequestList (m_transfer rl) (m_queues rl) (m_affinity rl) t (m_last_unchoke rl) (m_last_unordered_position rl)
    (m_delay_remove_choked rl) (m_delay_process_unordered rl).
Definition with_unchoke (rl : RequestList) (t : Z) : RequestList :=
  mkRequestList (m_transfer rl) (m_queues rl) (m_affinity rl) (m_last_choke rl) t (m_last_unordered_position rl)
    (m_delay_remove_choked rl) (m_delay_process_unordered rl).
Definition with_position (rl : RequestList) (n : Z) : RequestList :=
  mkRequestList (m_transfer rl) (m_queues rl) (m_affinity rl) (m_last_choke rl) (m_last_unchoke rl) n
    (m_delay_remove_choked rl) (m_delay_process_unordered rl).
Definition with_remove_choked (rl : RequestList) (e : entry) : RequestList :=
  mkRequestList (m_transfer rl) (m_queues rl) (m_affinity rl) (m_last_choke rl) (m_last_unchoke rl) (m_last_unordered_position rl)
    e (m_delay_process_unordered rl).
Definition with_process_unordered (rl : RequestList) (e : entry) : RequestList :=
  mkRequestList (m_transfer rl) (m_queues rl) (m_affinity rl) (m_last_choke rl) (m_last_unchoke rl) (m_last_unordered_position rl)
    (m_delay_remove_choked rl) e.

Definition is_downloading (rl : RequestList) : bool := match m_transfer rl with Some _ => true | None => false end.

(** ** Calls on the block of a transfer *)

(** The store and the pieces in progress. *)
Definition World : Type := Heap * TransferList.

Definition with_block {R} (tl : TransferList) (a : Z * nat) (f : Block -> res (R * Heap * Block)) : res (R * World) :=
  '(i, l) ← list_of tl a;
  b ← of_deref (blocks l !! snd a);
  '(r, h, b) ← f b;
  Ok (r, (h, set_list tl i (with_blocks l (<[snd a := b]> (blocks l))))).

Definition release (w : World) (k : nat) : res World :=
  let '(h, tl) := w in
  t ← get h k;
  match m_block t with
  | None => h ← set_peer_info h k None; h ← delete_transfer h k; Ok (h, tl)
  | Some a => '(_, w) ← with_block tl a (fun b => '(h, b) ← Block.release h b k; Ok (tt, h, b)); Ok w
  end.

Definition stalled (w : World) (k : nat) : res World :=
  let '(h, tl) := w in
  t ← get h k;
  match m_block t with
  | None => Ok w
  | Some a => '(_, w) ← with_block tl a (fun b => '(h, b) ← stalled_transfer h b k; Ok (tt, h, b)); Ok w
  end.

Definition transfering (w : World) (k : nat) : res World :=
  let '(h, tl) := w in
  t ← get h k;
  a ← of_deref (m_block t);
  '(_, w) ← with_block tl a (fun b => Block.transfering h b k);
  Ok w.

(** ** Operations *)

(** The loop of [delegate] over the new transfers. *)
Fixpoint queue_transfers (h : Heap) (q : list (list nat)) (tr : list (option nat)) : res (list (list nat) * list Piece.Piece) :=
  match tr with
  | [] => Ok (q, [])
  | o :: tr =>
      k ← of_deref o;
      q ← push_back q bucket_queued k;
      t ← get h k;
      '(q, pieces) ← queue_transfers h q tr;
      Ok (q, BlockTransfer.m_piece t :: pieces)
  end.

Definition delegate {S} `{Delegator.ChunkSource S} (chunk_size : Z -> Z) (now : Z) (p : nat) (aggressive : bool)
    (w : World) (s : S) (pc : PeerChunks) (rl : RequestList) (maxPieces : Z)
    : res (list Piece.Piece * World * S * PeerChunks * RequestList) :=
  d ← Delegator.delegate chunk_size now p aggressive (m_affinity rl) maxPieces (fst w) (snd w) s pc;
  let w := (Delegator.heap d, Delegator.transfer_list d) in
  match Delegator.found d with
  | [] => Ok ([], w, Delegator.source d, Delegator.peer d, rl)
  | _ :: _ =>
      '(q, pieces) ← queue_transfers (fst w) (m_queues rl) (Delegator.found d);
      k ← of_deref (mjoin (last (Delegator.found d)));
      t ← get (fst w) k;
      let rl := with_affinity (with_queues rl q) (Some (Piece.m_index (BlockTransfer.m_piece t))) in
      Ok (pieces, w, Delegator.source d, Delegator.peer d, rl)
  end.

(** The part that both kinds of stalling share. *)
Definition stall_queues (w : World) (rl : RequestList) : res (World * RequestList) :=
  w ← queue_bucket_for_all_in_queue stalled w (m_queues rl) bucket_queued;
  q ← move_all_to (m_queues rl) bucket_queued bucket_stalled;
  w ← queue_bucket_for_all_in_queue stalled w q bucket_unordered;
  q ← move_all_to q bucket_unordered bucket_stalled;
  Ok (w, with_queues rl q).

Definition stall_initial (w : World) (rl : RequestList) : res (World * RequestList) := stall_queues w rl.

Definition stall_prolonged (w : World) (rl : RequestList) : res (World * RequestList) :=
  w ← match m_transfer rl with Some k => stalled w k | None => Ok w end;
  stall_queues w rl.

Definition choked (now : Z) (rl : RequestList) : res RequestList :=
  let rl := with_choke rl now in
  e1 ← queue_empty (m_queues rl) bucket_queued;
  e2 ← (if (e1 : bool) then queue_empty (m_queues rl) bucket_unordered else Ok false);
  if (e2 : bool) then Ok rl
  else
    q ← move_all_to (m_queues rl) bucket_queued bucket_choked;
    q ← move_all_to q bucket_unordered bucket_choked;
    q ← move_all_to q bucket_stalled bucket_choked;
    e ← update_wait_for_ceil_seconds now (m_delay_remove_choked rl) timeout_remove_choked;
    Ok (with_remove_choked (with_queues rl q) e).

Definition unchoked (now : Z) (rl : RequestList) : res RequestList :=
  let rl := with_unchoke rl now in
  e ← queue_empty (m_queues rl) bucket_choked;
  if negb e then
    e ← update_wait_for_ceil_seconds now (m_delay_remove_choked rl) timeout_remove_choked;
    Ok (with_remove_choked rl e)
  else Ok (with_remove_choked rl (SchedulerEntry.erase (m_delay_remove_choked rl))).

(** [m_queues.clear(idx)]; its elements are released. *)
Definition clear_queue (w : World) (rl : RequestList) (idx : nat) : res (World * RequestList) :=
  '(w, q) ← QueueBuckets.clear release w (m_queues rl) idx;
  Ok (w, with_queues rl q).

(** The scheduler clears the entry before it calls the two slots. *)
Definition delay_remove_choked (w : World) (rl : RequestList) : res (World * RequestList) :=
  clear_queue w (with_remove_choked rl None) bucket_choked.

Definition unordered_size (rl : RequestList) : res Z := queue_size (m_queues rl) bucket_unordered.

Definition prepare_process_unordered (now : Z) (rl : RequestList) (itr : nat) : res RequestList :=
  q ← move_to (m_queues rl) bucket_queued 0 itr bucket_unordered;
  let rl := with_queues rl q in
  if is_scheduled (m_delay_process_unordered rl) then Ok rl
  else
    e ← wait_for_ceil_seconds now (m_delay_process_unordered rl) timeout_process_unordered;
    let rl := with_process_unordered rl e in
    n ← unordered_size rl;
    Ok (with_position rl n).

Definition delay_process_unordered (now : Z) (w : World) (rl : RequestList) : res (World * RequestList) :=
  let rl := with_process_unordered rl None in
  n ← unordered_size rl;
  let rl := with_position rl (Z.min (m_last_unordered_position rl) n) in
  '(w, q) ← QueueBuckets.destroy release w (m_queues rl) bucket_unordered 0 (Z.to_nat (m_last_unordered_position rl));
  let rl := with_queues rl q in
  n ← unordered_size rl;
  let rl := with_position rl n in
  if negb (n =? 0) then
    e ← wait_for_ceil_seconds now (m_delay_process_unordered rl) timeout_process_unordered;
    Ok (w, with_process_unordered rl e)
  else Ok (w, rl).

Definition skipped (w : World) (rl : RequestList) : res (World * RequestList) :=
  match m_transfer rl with
  | None => Throw internal_error
  | Some k => w ← release w k; Ok (w, with_transfer rl None)
  end.

Definition clear (w : World) (rl : RequestList) : res (World * RequestList) :=
  '(w, rl) ← (if is_downloading rl then skipped w rl else Ok (w, rl));
  '(w, rl) ← clear_queue w rl bucket_queued;
  '(w, rl) ← clear_queue w rl bucket_unordered;
  '(w, rl) ← clear_queue w rl bucket_stalled;
  clear_queue w rl bucket_choked.

(** [request_list_same_piece] *)
Definition same_piece (h : Heap) (piece : Piece.Piece) (k : nat) : res bool :=
  t ← get h k;
  Ok ((Piece.m_index piece =? Piece.m_index (BlockTransfer.m_piece t)) && (Piece.m_offset piece =? Piece.m_offset (BlockTransfer.m_piece t))).

(** What [downloading] answers: what it returns, or the exception that ends
    it, which leaves the state behind as it is then. *)
Inductive answer := Returned (wanted : bool) | Thrown (e : exn).

(** The label [downloading_error]: a transfer of no block takes the place. *)
Definition downloading_error (w : World) (p : nat) (rl : RequestList) (piece : Piece.Piece) : res (answer * World * RequestList) :=
  '(k, h) ← create_dummy (fst w) p piece;
  Ok (Returned false, (h, snd w), with_transfer rl (Some k)).

(** Takes the element out and keeps it as the current transfer. *)
Definition take_transfer (rl : RequestList) (idx itr : nat) : res (nat * RequestList) :=
  '(k, q) ← take (m_queues rl) idx itr;
  Ok (k, with_transfer (with_queues rl q) (Some k)).

(** The branches of the [switch]; [None] is its default. *)
Definition take_found (now : Z) (rl : RequestList) (idx itr : nat) : res (option (nat * RequestList)) :=
  if (idx =? bucket_queued)%nat then
    rl' ← (if negb (itr =? 0)%nat then prepare_process_unordered now rl itr else Ok rl);
    (* the iterator is the first element of what is left of the queue *)
    x ← take_transfer rl' idx 0;
    Ok (Some x)
  else if (idx =? bucket_unordered)%nat then
    let rl := if Z.of_nat itr <? m_last_unordered_position rl
              then with_position rl (m_last_unordered_position rl - 1) else rl in
    x ← take_transfer rl idx itr;
    Ok (Some x)
  else if (idx =? bucket_stalled)%nat then
    x ← take_transfer rl idx itr;
    Ok (Some x)
  else if (idx =? bucket_choked)%nat then
    '(k, rl) ← take_transfer rl idx itr;
    e ← update_wait_for_ceil_seconds now (m_delay_remove_choked rl) timeout_choked_received;
    Ok (Some (k, with_remove_choked rl e))
  else Ok None.

Definition downloading (now : Z) (w : World) (p : nat) (rl : RequestList) (piece : Piece.Piece) : res (answer * World * RequestList) :=
  _ ← throw_when (is_downloading rl) internal_error;
  '(idx, itr) ← queue_bucket_find_if_in_any (same_piece (fst w) piece) (m_queues rl);
  x ← take_found now rl idx itr;
  match x with
  | None => downloading_error w p rl piece
  | Some (k, rl) =>
      t ← get (fst w) k;
      if negb (Piece.m_length piece =? Piece.m_length (BlockTransfer.m_piece t)) then
        if negb (Piece.m_length piece =? 0) then Ok (Thrown communication_error, w, rl)
        else
          w ← release w k;
          downloading_error w p rl piece
      else if negb (is_valid t) then Ok (Returned false, w, rl)
      else
        w ← transfering w k;
        Ok (Returned true, w, rl)
  end.

Definition finished (w : World) (rl : RequestList) : res (World * RequestList) :=
  match m_transfer rl with
  | None => Throw internal_error
  | Some k =>
      t ← get (fst w) k;
      _ ← throw_when (negb (is_valid t)) internal_error;
      w ← TransferList.finished (fst w) (snd w) k;
      Ok (w, with_transfer rl None)
  end.

Definition transfer_dissimilar (w : World) (p : nat) (rl : RequestList) : res (World * RequestList) :=
  match m_transfer rl with
  | None => Throw internal_error
  | Some k =>
      t ← get (fst w) k;
      '(d, h) ← create_dummy (fst w) p (BlockTransfer.m_piece t);
      td ← get h d;
      let h := put h d (set_position td (m_position t)) in
      a ← of_deref (m_block t);
      '(_, w) ← with_block (snd w) a (fun b => '(h, b) ← Block.transfer_dissimilar h b k; Ok (tt, h, b));
      Ok (w, with_transfer rl (Some d))
  end.

(** [std::any_of] over the pieces in progress. *)
Fixpoint is_interested_in_active (bf : Bitfield.Bitfield) (ls : list BlockList) : res bool :=
  match ls with
  | [] => Ok false
  | l :: ls => g ← Bitfield.get bf (index l); if (g : bool) then Ok true else is_interested_in_active bf ls
  end.

Definition calculate_pipe_size (aggressive : bool) (rate : Z) : Z :=
  let rate := rate / 1024 in
  if negb aggressive then
    if rate <? 20 then u32 (rate + 2) else u32 (rate / 5 + 18)
  else
    if rate <? 10 then u32 (rate / 5 + 1) else u32 (rate / 10 + 2).

Definition pipe_size (rl : RequestList) : res Z :=
  q ← queue_size (m_queues rl) bucket_queued;
  s ← queue_size (m_queues rl) bucket_stalled;
  u ← queue_size (m_queues rl) bucket_unordered;
  Ok (u32 (q + s + u / 4)).

(** ** A call on a block, seen from all pieces

    A request that waits: it is in the queue of its block, or the block has
    let go of it.  A transfer that runs: the same, but started. *)
Import Delegator.

Definition waits (p : nat) (h : Heap) (ls : list BlockList) (k : nat) : Prop :=
  exists t, transfers h !! k = Some t /\ m_peer_info t = Some p /\
    ((m_block t = None /\ k ∉ all_members ls) \/ k ∈ all_queued ls).
Definition runs (p : nat) (h : Heap) (ls : list BlockList) (k : nat) : Prop :=
  exists t, transfers h !! k = Some t /\ m_peer_info t = Some p /\
    ((m_block t = None /\ k ∉ all_members ls) \/ (m_block t <> None /\ k ∈ all_members ls /\ k ∉ all_queued ls)).

(** A call for the transfer [k] changes nothing for the others. *)
Record world_step (n : Z) (k : nat) (h : Heap) (ls : list BlockList) (h' : Heap) (ls' : list BlockList) : Prop := {
  ws_pieces : pieces_ok n h' ls';
  ws_index : index <$> ls' = index <$> ls;
  ws_dom : forall j, is_Some (transfers h' !! j) -> is_Some (transfers h !! j);
  ws_waits : forall p j, j <> k -> waits p h ls j -> waits p h' ls' j /\ transfers h' !! j = transfers h !! j
}.
Definition runners_stay (k : nat) (h : Heap) (ls : list BlockList) (h' : Heap) (ls' : list BlockList) : Prop :=
  forall p j, j <> k -> runs p h ls j -> runs p h' ls' j /\ transfers h' !! j = transfers h !! j.

Lemma queued_members ls k : k ∈ all_queued ls -> k ∈ all_members ls.
Proof. intros (l & b & Hl & Hb & Hk)%elem_of_flat. apply elem_of_flat. exists l, b. split_and!; try done. apply elem_of_app. by left. Qed.

Lemma others_queued L1 pre post L2 k : k ∈ others m_queued L1 pre post L2 -> k ∈ others members L1 pre post L2.
Proof.
  unfold others. rewrite !elem_of_app. intros [H|[H|[H|H]]].
  - left. by apply queued_members.
  - right. left. apply elem_of_concat_fmap in H as (b & Hb & Hk). apply elem_of_concat_fmap. exists b. split; [done|]. apply elem_of_app. by left.
  - do 2 right. left. apply elem_of_concat_fmap in H as (b & Hb & Hk). apply elem_of_concat_fmap. exists b. split; [done|]. apply elem_of_app. by left.
  - do 3 right. by apply queued_members.
Qed.

(** A block of a piece that is replaced, its piece counting as finished what
    it has. *)
Lemma replace_pieces n h h' L1 L2 l l' pre post b b' :
  pieces_ok n h (L1 ++ with_blocks l (pre ++ b :: post) :: L2) -> inv h' b' -> self b' = self b ->
  (forall j, j ∈ members b' -> j ∈ members b) -> (forall j, j ∉ members b -> transfers h' !! j = transfers h !! j) ->
  m_piece l' = m_piece l -> m_finished l' = Z.of_nat (count done_block (pre ++ b' :: post)) ->
  pieces_ok n h' (L1 ++ with_blocks l' (pre ++ b' :: post) :: L2).
Proof.
  intros [Hok Hl Hi Hm] [Hok' Hw'] Hself Hmem Hout Epc Hfin.
  assert (Eix : index l' = index l) by (unfold index; by rewrite Epc).
  assert (Hoth : forall j, j ∈ others members L1 pre post L2 -> transfers h' !! j = transfers h !! j).
  { intros j Hj. apply Hout. intros Hb. unfold all_members in Hm. rewrite flat_split in Hm. apply NoDup_app in Hm as (_ & Hd & _). by apply (Hd j). }
  split; [done| | |].
  - assert (Hfr : forall x, x ∈ L1 \/ x ∈ L2 -> list_wf n h x -> list_wf n h' x).
    { intros x Hx [Hxi Hxb Hxf Hxw]. split; try done. intros i c Hc. destruct (Hxb i c Hc) as [Hw Hs]. split; [|done].
      apply (wf_frame h); [done|]. intros j Hj. apply Hoth. unfold others. rewrite !elem_of_app.
      apply list_elem_of_lookup_2 in Hc. destruct Hx; [left|do 3 right]; apply elem_of_flat; eauto. }
    apply Forall_app in Hl as [Hl1 [Hlm Hl2]%Forall_cons]. apply Forall_app. split; [|apply Forall_cons; split].
    + apply Forall_forall. intros x Hx. apply Hfr; [by left|]. rewrite Forall_forall in Hl1. by apply Hl1.
    + destruct Hlm as [Hxi Hxb _ Hxw]. split; [by change (0 <= index l' < n); rewrite Eix| |done|
        by unfold BlockList.size, zlen in *; cbn [with_blocks blocks] in *; rewrite length_app in *].
      cbn [with_blocks blocks] in *. intros i c Hc. change (index (with_blocks l' (pre ++ b' :: post))) with (index l'). rewrite Eix.
      destruct (decide (i = length pre)) as [->|Hne].
      { rewrite list_lookup_middle in Hc by done. injection Hc as <-. split; [done|]. rewrite Hself.
        apply (Hxb (length pre) b). by apply list_lookup_middle. }
      assert (Hc0 : (pre ++ b :: post) !! i = Some c /\ (c ∈ pre \/ c ∈ post)).
      { destruct (decide (i < length pre)%nat).
        - rewrite lookup_app_l in Hc |- * by lia. split; [done|]. left. by eapply list_elem_of_lookup_2.
        - rewrite lookup_app_r in Hc |- * by lia. destruct (i - length pre)%nat eqn:En; [lia|]. split; [done|].
          right. by eapply list_elem_of_lookup_2. }
      destruct Hc0 as [Hc0 Hin]. destruct (Hxb i c Hc0) as [Hwc Hsc]. split; [|done].
      apply (wf_frame h); [done|]. intros j Hj. apply Hoth. unfold others. rewrite !elem_of_app, !elem_of_concat_fmap.
      right. destruct Hin; [left|right; left]; by exists c.
    + apply Forall_forall. intros x Hx. apply Hfr; [by right|]. rewrite Forall_forall in Hl2. by apply Hl2.
  - rewrite !fmap_app, !fmap_cons in *. change (index (with_blocks l' (pre ++ b' :: post))) with (index l'). rewrite Eix. done.
  - unfold all_members in *. rewrite flat_split in Hm |- *. apply NoDup_app in Hm as (Hm1 & Hm2 & Hm3). apply NoDup_app.
    split; [by apply (wf_nodup h' b')|]. split; [|done]. intros j Hj. by apply Hm2, Hmem.
Qed.

Section Step.
Context (n : Z) (k : nat) (h h' : Heap) (L1 L2 : list BlockList) (l : BlockList) (pre post : list Block) (b b' : Block).
Abbreviation before := (L1 ++ with_blocks l (pre ++ b :: post) :: L2).
Abbreviation after := (L1 ++ with_blocks l (pre ++ b' :: post) :: L2).
Hypothesis ok : pieces_ok n h before.
Hypothesis step : block_step k h b h' b'.

Lemma in_members j : j ∈ all_members before <-> j ∈ members b \/ j ∈ others members L1 pre post L2.
Proof. unfold all_members. by rewrite flat_split, elem_of_app. Qed.
Lemma in_members' j : j ∈ all_members after <-> j ∈ members b' \/ j ∈ others members L1 pre post L2.
Proof. unfold all_members. by rewrite flat_split, elem_of_app. Qed.
Lemma in_queued j : j ∈ all_queued before <-> j ∈ m_queued b \/ j ∈ others m_queued L1 pre post L2.
Proof. unfold all_queued. by rewrite flat_split, elem_of_app. Qed.
Lemma in_queued' j : j ∈ all_queued after <-> j ∈ m_queued b' \/ j ∈ others m_queued L1 pre post L2.
Proof. unfold all_queued. by rewrite flat_split, elem_of_app. Qed.

Lemma apart j : j ∈ others members L1 pre post L2 -> j ∉ members b.
Proof.
  intros Ho Hj. pose proof (po_members _ _ _ ok) as Hn. unfold all_members in Hn. rewrite flat_split in Hn.
  apply NoDup_app in Hn as (_ & Hd & _). by apply (Hd j).
Qed.

Lemma block_known : wf h b /\ self b = (index l, length pre).
Proof.
  pose proof (po_lists _ _ _ ok) as Hx. apply Forall_app in Hx as [_ [Hx _]%Forall_cons].
  apply (lw_blocks n h _ Hx (length pre)). cbn [with_blocks blocks]. by apply list_lookup_middle.
Qed.

Lemma others_frame j : j ∈ others members L1 pre post L2 -> transfers h' !! j = transfers h !! j.
Proof. intros Hj. by apply (bs_outside _ _ _ _ _ step), apart. Qed.

Lemma step_pieces : pieces_ok n h' after.
Proof.
  apply (replace_pieces n h h' L1 L2 l l pre post b b' ok); try apply step; [done|].
  rewrite (done_replace pre b b' post (bs_state _ _ _ _ _ step)).
  pose proof (po_lists _ _ _ ok) as Hx. apply Forall_app in Hx as [_ [Hx _]%Forall_cons]. apply (lw_finished _ _ _ Hx).
Qed.

(** What the block let go of is not touched. *)
Lemma loose_stays j : j ∉ all_members before -> (j ∉ all_members after) /\ transfers h' !! j = transfers h !! j.
Proof.
  rewrite in_members, in_members'. intros Hj. split.
  - intros [Hx|Hx]; apply Hj; [left; by apply (bs_members _ _ _ _ _ step)|by right].
  - apply (bs_outside _ _ _ _ _ step). tauto.
Qed.

Lemma step_world : world_step n k h before h' after.
Proof.
  split.
  - apply step_pieces.
  - by rewrite !fmap_app, !fmap_cons.
  - intros j Hj. destruct (decide (j ∈ members b)) as [Hin|Hin].
    + apply (members_known h b); [apply block_known|done].
    + by rewrite <- (bs_outside _ _ _ _ _ step j Hin).
  - intros p j Hne (t & Ht & Hp & Hc).
    assert (transfers h' !! j = transfers h !! j /\ ((m_block t = None /\ j ∉ all_members after) \/ j ∈ all_queued after)) as [E Hc'].
    { destruct Hc as [[Hb Hj]|Hj].
      - destruct (loose_stays j Hj) as [? ?]. split; [done|]. by left.
      - rewrite in_queued in Hj. rewrite in_queued'. destruct Hj as [Hj|Hj].
        + destruct (bs_queued _ _ _ _ _ step j Hj Hne). split; [done|]. right. by left.
        + split; [by apply others_frame, others_queued|]. right. by right. }
    split; [|done]. exists t. by rewrite E.
Qed.

Lemma step_runners : k ∈ m_queued b -> runners_stay k h before h' after.
Proof.
  intros HQ p j Hne (t & Ht & Hp & Hc).
  assert (transfers h' !! j = transfers h !! j /\ ((m_block t = None /\ j ∉ all_members after) \/
    (m_block t <> None /\ j ∈ all_members after /\ j ∉ all_queued after))) as [E Hc'].
  { destruct Hc as [[Hb Hj]|(Hb & Hj & HjQ)].
    - destruct (loose_stays j Hj) as [? ?]. split; [done|]. by left.
    - rewrite in_members in Hj. rewrite in_queued in HjQ. rewrite in_members', in_queued'. destruct Hj as [Hj|Hj].
      + apply elem_of_app in Hj as [?|Hj]; [tauto|]. destruct (bs_started _ _ _ _ _ step HQ j Hj) as [Hj' E].
        split; [done|]. right. split; [done|]. split; [left; apply elem_of_app; by right|]. intros [Hx|Hx]; [|tauto].
        pose proof (wf_nodup h' b' (proj2 (bs_inv _ _ _ _ _ step))) as Hn. apply NoDup_app in Hn as (_ & Hd & _). by apply (Hd j).
      + split; [by apply others_frame|]. right. split; [done|]. split; [by right|]. intros [Hx|Hx]; [|tauto].
        apply (apart j Hj), (bs_members _ _ _ _ _ step), elem_of_app. by left. }
  split; [|done]. exists t. by rewrite E.
Qed.

End Step.

(** ** Finding the block *)

Lemma insert_middle {A} (pre post : list A) x y : <[length pre := y]> (pre ++ x :: post) = pre ++ y :: post.
Proof. induction pre; simpl; [done|]. by rewrite IHpre. Qed.

Lemma find_from_middle L1 l L2 : forall i, NoDup (index <$> (L1 ++ l :: L2)) ->
  find_from (L1 ++ l :: L2) i (index l) = Some (i + length L1)%nat.
Proof.
  induction L1 as [|x L1 IH]; intros i Hn; simpl.
  - by rewrite Z.eqb_refl, Nat.add_0_r.
  - rewrite <- app_comm_cons, fmap_cons in Hn. apply NoDup_cons in Hn as [Hx Hn]. rewrite (proj2 (Z.eqb_neq (index l) (index x))).
    + rewrite IH by done. f_equal. lia.
    + intros E. apply Hx. rewrite <- E. apply list_elem_of_fmap. exists l. split; [done|]. apply elem_of_app. right. left.
Qed.

Lemma with_block_ok {R} n h tl L1 l L2 pre b post (f : Block -> res (R * Heap * Block)) r h' b' :
  pieces_ok n h (lists tl) -> lists tl = L1 ++ with_blocks l (pre ++ b :: post) :: L2 -> f b = Ok (r, h', b') ->
  with_block tl (self b) f = Ok (r, (h', TransferList.with_lists tl (L1 ++ with_blocks l (pre ++ b' :: post) :: L2))).
Proof.
  intros Hp El Hf. rewrite El in Hp. destruct (block_known n h L1 L2 l pre post b Hp) as [_ Hs].
  unfold with_block, list_of, find. rewrite Hs. cbn [fst snd].
  change (index l) with (index (with_blocks l (pre ++ b :: post))). rewrite El, find_from_middle by apply Hp. res_simpl.
  rewrite list_lookup_middle by done. res_simpl. cbn [with_blocks blocks]. rewrite list_lookup_middle by done. res_simpl.
  rewrite Hf. res_simpl. unfold set_list. rewrite El. cbn [Nat.add]. by rewrite insert_middle, insert_middle.
Qed.

(** A member of a block of some piece. *)
Lemma locate f ls k : k ∈ flat f ls -> exists L1 l L2 pre b post, ls = L1 ++ with_blocks l (pre ++ b :: post) :: L2 /\ k ∈ f b.
Proof.
  intros (l & b & Hl & Hb & Hk)%elem_of_flat. apply list_elem_of_split in Hl as (L1 & L2 & ->).
  apply list_elem_of_split in Hb as (pre & post & Eb). exists L1, l, L2, pre, b, post. split; [|done].
  rewrite <- Eb. by destruct l.
Qed.

Lemma release_loose n h tl p k t : pieces_ok n h (lists tl) -> transfers h !! k = Some t -> m_block t = None -> m_peer_info t = Some p ->
  k ∉ all_members (lists tl) ->
  exists h', release (h, tl) k = Ok (h', tl) /\ world_step n k h (lists tl) h' (lists tl) /\
    runners_stay k h (lists tl) h' (lists tl) /\ transfers h' !! k = None.
Proof.
  intros Hp Hk Hb Hpt Hno. unfold release, get. rewrite Hk. res_simpl. rewrite Hb. pose proof Hp as [Hok Hl Hi Hm].
  destruct (set_peer_none h k t Hok Hk) as (h1 & -> & Hok1 & Em & _). res_simpl.
  assert (Hk1 : transfers h1 !! k = Some (with_peer t None)) by (by rewrite Em, lookup_insert_eq).
  destruct (delete_ok h1 k _ Hok1 Hk1 Hb eq_refl) as (h2 & -> & Hok2 & E2). res_simpl. exists h2. split; [done|].
  assert (Hfr : forall j, j <> k -> transfers h2 !! j = transfers h !! j)
    by (intros j Hj; by rewrite E2, lookup_delete_ne, Em, lookup_insert_ne).
  split; [|split; [|by rewrite E2, lookup_delete_eq]].
  - split; try done.
    + split; try done. apply Forall_forall. intros l Hin. rewrite Forall_forall in Hl. destruct (Hl l Hin) as [Hli Hlb Hlf Hlw].
      split; try done. intros i b Hib. destruct (Hlb i b Hib) as [Hw Hs]. split; [|done]. apply (wf_frame h); [done|].
      intros j Hj. apply Hfr. intros ->. apply Hno, elem_of_flat. exists l, b. split_and!; try done. by eapply list_elem_of_lookup_2.
    + intros j [x Hx]. destruct (decide (j = k)) as [->|]; [by eexists|]. rewrite <- Hfr by done. by eexists.
    + intros q j Hj (u & Hu & Hr). split; [|by apply Hfr]. exists u. by rewrite Hfr.
  - intros q j Hj (u & Hu & Hr). split; [|by apply Hfr]. exists u. by rewrite Hfr.
Qed.

(** Releasing a request that waits. *)
Lemma release_waits n p h tl k : pieces_ok n h (lists tl) -> waits p h (lists tl) k ->
  exists h' tl', release (h, tl) k = Ok (h', tl') /\ world_step n k h (lists tl) h' (lists tl') /\
    runners_stay k h (lists tl) h' (lists tl') /\ transfers h' !! k = None.
Proof.
  intros Hp (t & Ht & Hpt & [[Hb Hno]|HQ]).
  { destruct (release_loose n h tl p k t) as (h' & E & Hs); try done. by exists h', tl. }
  destruct (locate m_queued (lists tl) k HQ) as (L1 & l & L2 & pre & b & post & El & Hk). rewrite El in Hp.
  destruct (block_known n h L1 L2 l pre post b Hp) as [Hw _].
  pose proof (wf_queued h b Hw) as Hq. rewrite Forall_forall in Hq. destruct (Hq k Hk) as (t' & Ht' & _ & Hbt & Hf).
  rewrite Ht in Ht'. injection Ht' as <-.
  destruct (release_step h b k t (conj (po_heap _ _ _ Hp) Hw) Ht Hbt) as (h' & b' & E & Hs & Hn); [apply elem_of_app; by left|done|].
  unfold release, get. rewrite Ht. res_simpl. rewrite Hbt.
  rewrite (with_block_ok n h tl L1 l L2 pre b post _ tt h' b') by (rewrite ?El, ?E; done). res_simpl.
  do 2 eexists. split; [reflexivity|]. rewrite El. cbn [TransferList.with_lists lists].
  split; [by apply step_world|]. split; [by apply (step_runners n)|done].
Qed.

(** Releasing the transfer that runs. *)
Lemma release_runs n p h tl k : pieces_ok n h (lists tl) -> runs p h (lists tl) k ->
  (forall t, transfers h !! k = Some t -> m_block t <> None -> BlockTransfer.is_finished t = false) ->
  exists h' tl', release (h, tl) k = Ok (h', tl') /\ world_step n k h (lists tl) h' (lists tl') /\ transfers h' !! k = None.
Proof.
  intros Hp (t & Ht & Hpt & [[Hb Hno]|(Hb & Hin & _)]) Hfin.
  { destruct (release_loose n h tl p k t) as (h' & E & Hs & _ & Hn); try done. by exists h', tl. }
  destruct (locate members (lists tl) k Hin) as (L1 & l & L2 & pre & b & post & El & Hk). rewrite El in Hp.
  destruct (block_known n h L1 L2 l pre post b Hp) as [Hw _].
  destruct (valid_place h b k t Hw Ht Hb Hk) as (_ & Hbt & _).
  destruct (release_step h b k t (conj (po_heap _ _ _ Hp) Hw) Ht Hbt Hk (Hfin t Ht Hb)) as (h' & b' & E & Hs & Hn).
  unfold release, get. rewrite Ht. res_simpl. rewrite Hbt.
  rewrite (with_block_ok n h tl L1 l L2 pre b post _ tt h' b') by (rewrite ?El, ?E; done). res_simpl.
  do 2 eexists. split; [reflexivity|]. rewrite El. cbn [TransferList.with_lists lists]. split; [by apply step_world|done].
Qed.

(** The stall count of a transfer has room for one more. *)
Definition low (h : Heap) (k : nat) : Prop := forall t, transfers h !! k = Some t -> 0 <= m_stall t < 2 ^ 32 - 1.

Lemma world_step_refl n k h ls : pieces_ok n h ls -> world_step n k h ls h ls /\ runners_stay k h ls h ls.
Proof. intros Hp. split; [by split|]. by intros p j. Qed.

(** Stalling a transfer of a block. *)
Lemma stalled_member n h tl k t : pieces_ok n h (lists tl) -> transfers h !! k = Some t -> m_block t <> None ->
  k ∈ all_members (lists tl) -> low h k ->
  exists h' tl', stalled (h, tl) k = Ok (h', tl') /\ world_step n k h (lists tl) h' (lists tl') /\
    (k ∈ all_queued (lists tl) -> runners_stay k h (lists tl) h' (lists tl')) /\
    transfers h' !! k = Some (set_stall t (m_stall t + 1)) /\
    (forall j, j ∈ all_members (lists tl') <-> j ∈ all_members (lists tl)) /\
    (forall j, j ∈ all_queued (lists tl') <-> j ∈ all_queued (lists tl)).
Proof.
  intros Hp Ht Hb Hin Hlow.
  destruct (locate members (lists tl) k Hin) as (L1 & l & L2 & pre & b & post & El & Hk). rewrite El in Hp.
  destruct (block_known n h L1 L2 l pre post b Hp) as [Hw _].
  destruct (valid_place h b k t Hw Ht Hb Hk) as (_ & Hbt & _).
  destruct (stalled_step h b k t (conj (po_heap _ _ _ Hp) Hw) Ht Hb Hk (Hlow t Ht)) as (h' & b' & E & Hs & Hk' & EQ & ET).
  unfold stalled, get. rewrite Ht. res_simpl. rewrite Hbt.
  rewrite (with_block_ok n h tl L1 l L2 pre b post _ tt h' b') by (rewrite ?El, ?E; done). res_simpl.
  do 2 eexists. split; [reflexivity|]. rewrite El. cbn [TransferList.with_lists lists]. split; [by apply step_world|]. split.
  { intros HQ. apply (step_runners n); [done|done|]. rewrite in_queued in HQ. destruct HQ as [HQ|HQ]; [done|].
    exfalso. apply (apart n h L1 L2 l pre post b Hp k); [by apply others_queued|done]. }
  split; [done|]. split; intros j.
  - rewrite in_members, in_members'. unfold members. by rewrite EQ, ET.
  - rewrite in_queued, in_queued'. by rewrite EQ.
Qed.

Lemma queued_valid n h ls k : pieces_ok n h ls -> k ∈ all_queued ls ->
  exists t, transfers h !! k = Some t /\ m_block t <> None /\ BlockTransfer.is_finished t = false.
Proof.
  intros Hp HQ. destruct (locate m_queued ls k HQ) as (L1 & l & L2 & pre & b & post & -> & Hk).
  destruct (block_known n h L1 L2 l pre post b Hp) as [Hw _]. pose proof (wf_queued h b Hw) as Hq. rewrite Forall_forall in Hq.
  destruct (Hq k Hk) as (t & Ht & _ & Hb & Hf). exists t. split_and!; try done. congruence.
Qed.

Lemma stalled_waits n p h tl k : pieces_ok n h (lists tl) -> waits p h (lists tl) k -> low h k ->
  exists h' tl', stalled (h, tl) k = Ok (h', tl') /\ world_step n k h (lists tl) h' (lists tl') /\
    runners_stay k h (lists tl) h' (lists tl') /\ waits p h' (lists tl') k.
Proof.
  intros Hp Hwk Hlow. pose proof Hwk as (t & Ht & Hpt & [[Hb Hno]|HQ]).
  - unfold stalled, get. rewrite Ht. res_simpl. rewrite Hb. destruct (world_step_refl n k h _ Hp). by do 2 eexists.
  - destruct (queued_valid n h _ k Hp HQ) as (t' & Ht' & Hb & _). rewrite Ht in Ht'. injection Ht' as <-.
    destruct (stalled_member n h tl k t Hp Ht Hb (queued_members _ _ HQ) Hlow) as (h' & tl' & -> & Hs & Hr & Hk & Hm & Hq).
    do 2 eexists. split; [reflexivity|]. split; [done|]. split; [by apply Hr|]. eexists. split; [exact Hk|]. split; [done|].
    right. by apply Hq.
Qed.

Lemma stalled_runs n p h tl k : pieces_ok n h (lists tl) -> runs p h (lists tl) k -> low h k ->
  exists h' tl', stalled (h, tl) k = Ok (h', tl') /\ world_step n k h (lists tl) h' (lists tl') /\ runs p h' (lists tl') k.
Proof.
  intros Hp Hwk Hlow. pose proof Hwk as (t & Ht & Hpt & [[Hb Hno]|(Hb & Hin & HQ)]).
  - unfold stalled, get. rewrite Ht. res_simpl. rewrite Hb. destruct (world_step_refl n k h _ Hp). by do 2 eexists.
  - destruct (stalled_member n h tl k t Hp Ht Hb Hin Hlow) as (h' & tl' & -> & Hs & _ & Hk & Hm & Hq).
    do 2 eexists. split; [reflexivity|]. split; [done|]. eexists. split; [exact Hk|]. split; [done|]. right. by rewrite Hm, Hq.
Qed.

(** Starting a request that waits in its block. *)
Lemma transfering_queued n p h tl k : pieces_ok n h (lists tl) -> waits p h (lists tl) k -> k ∈ all_queued (lists tl) ->
  exists h' tl', transfering (h, tl) k = Ok (h', tl') /\ world_step n k h (lists tl) h' (lists tl') /\ runs p h' (lists tl') k.
Proof.
  intros Hp (t & Ht & Hpt & _) HQ.
  destruct (locate m_queued (lists tl) k HQ) as (L1 & l & L2 & pre & b & post & El & Hk). rewrite El in Hp.
  destruct (block_known n h L1 L2 l pre post b Hp) as [Hw _].
  pose proof (wf_queued h b Hw) as Hq. rewrite Forall_forall in Hq. destruct (Hq k Hk) as (t' & Ht' & _ & Hbt & Hf).
  rewrite Ht in Ht'. injection Ht' as <-.
  destruct (transfering_step h b k t (conj (po_heap _ _ _ Hp) Hw) Hk Ht) as (r & h' & b' & st & E & Hs & Hk' & HT).
  unfold transfering, get. rewrite Ht. res_simpl. rewrite Hbt. res_simpl.
  rewrite (with_block_ok n h tl L1 l L2 pre b post _ r h' b') by (rewrite ?El, ?E; done). res_simpl.
  do 2 eexists. split; [reflexivity|]. rewrite El. cbn [TransferList.with_lists lists]. split; [by apply step_world|].
  eexists. split; [exact Hk'|]. split; [done|]. right. cbn [set_state m_block]. split; [congruence|].
  rewrite in_members', in_queued'. split; [left; apply elem_of_app; by right|].
  pose proof (wf_nodup h' b' (proj2 (bs_inv _ _ _ _ _ Hs))) as Hn. apply NoDup_app in Hn as (_ & Hd & _).
  intros [Hx|Hx]; [by apply (Hd k)|]. apply (apart n h L1 L2 l pre post b Hp k); [by apply others_queued|apply elem_of_app; by left].
Qed.

(** A transfer of no block for the peer. *)
Lemma dummy_ok n p h ls piece : pieces_ok n h ls -> Z.of_nat (base.size (transfers h)) < 2 ^ 32 - 1 ->
  exists k h' t, create_dummy h p piece = Ok (k, h') /\ pieces_ok n h' ls /\ transfers h !! k = None /\
    transfers h' = <[k := t]> (transfers h) /\ BlockTransfer.m_piece t = piece /\ m_block t = None /\ runs p h' ls k /\
    (forall q j, waits q h ls j -> waits q h' ls j).
Proof.
  intros Hp Hsz. pose proof Hp as [Hok Hl Hi Hm]. pose proof (counter_le_size h p Hok) as Hc.
  unfold create_dummy. set (t := mkBlockTransfer None None piece STATE_ERASED 0 0 0 BlockTransfer.invalid_index).
  destruct (new_transfer_ok h t p Hok) as (h' & E & Hok' & Eh); [lia|]. cbn [new_transfer] in *. rewrite E. res_simpl.
  set (k := BlockTransfer.next h) in *.
  assert (Hk : transfers h !! k = None).
  { destruct (transfers h !! k) eqn:En; [|done]. pose proof (heap_fresh h Hok k) as Hx. rewrite En in Hx.
    specialize (Hx ltac:(by eexists)). unfold k in Hx. lia. }
  assert (Hkeep : forall j, is_Some (transfers h !! j) -> transfers h' !! j = transfers h !! j).
  { intros j [x Hx]. rewrite Eh, lookup_insert_ne; [done|]. intros <-. by rewrite Hk in Hx. }
  exists k, h', (with_peer t (Some p)). split_and!; try done.
  - split; try done. eapply Forall_impl; [exact Hl|]. intros l Hl'. by apply (list_wf_frame n h).
  - exists (with_peer t (Some p)). rewrite Eh, lookup_insert_eq. split_and!; try done. left. split; [done|].
    intros Hin. apply (all_members_known n h ls k Hl) in Hin as [x Hx]. by rewrite Hk in Hx.
  - intros q j (u & Hu & Hr). exists u. by rewrite Hkeep by (by eexists).
Qed.

(** ** The whole list *)

Definition held (rl : RequestList) : list nat := option_list (m_transfer rl) ++ concat (m_queues rl).

(** Each request is held once; those in the queues wait, the current transfer
    has been started, and all belong to the peer. *)
Record rl_ok (p : nat) (h : Heap) (ls : list BlockList) (rl : RequestList) : Prop := {
  rl_buckets : length (m_queues rl) = bucket_count;
  rl_nodup : NoDup (held rl);
  rl_waits : Forall (waits p h ls) (concat (m_queues rl));
  rl_runs : forall k, m_transfer rl = Some k -> runs p h ls k
}.

Lemma queue_lookup p h ls rl i : rl_ok p h ls rl -> (i < bucket_count)%nat -> exists q, m_queues rl !! i = Some q.
Proof. intros [Hl _ _ _] Hi. apply lookup_lt_is_Some_2. by rewrite Hl. Qed.

Lemma queue_in (q : list (list nat)) i l k : q !! i = Some l -> k ∈ l -> k ∈ concat q.
Proof. intros Hi Hk. apply list_elem_of_In, in_concat. exists l. rewrite <- !list_elem_of_In. split; [by eapply list_elem_of_lookup_2|done]. Qed.

Lemma queue_nodup (q : list (list nat)) i l : q !! i = Some l -> NoDup (concat q) -> NoDup l.
Proof.
  revert i. induction q as [|x q IH]; intros [|i] Hi Hn; [done|done| |]; simpl in Hn; apply NoDup_app in Hn as (H1 & _ & H2).
  - by injection Hi as <-.
  - by apply (IH i).
Qed.

(** Moving requests between the queues. *)
Lemma rl_permute p h ls rl q : rl_ok p h ls rl -> length q = length (m_queues rl) -> concat q ≡ₚ concat (m_queues rl) ->
  rl_ok p h ls (with_queues rl q).
Proof.
  intros [Hl Hn Hw Hr] El Eq. split; try done.
  - by rewrite <- Hl.
  - unfold held in *. cbn [with_queues m_transfer m_queues]. by rewrite Eq.
  - cbn [with_queues m_queues]. by rewrite Eq.
Qed.

Lemma move_all_keeps p h ls rl src dst : rl_ok p h ls rl -> src <> dst -> (src < bucket_count)%nat -> (dst < bucket_count)%nat ->
  exists q, move_all_to (m_queues rl) src dst = Ok q /\ rl_ok p h ls (with_queues rl q) /\
    (forall i, i <> src -> i <> dst -> q !! i = m_queues rl !! i).
Proof.
  intros Hrl Hne Hs Hd. pose proof (rl_buckets _ _ _ _ Hrl) as Hb.
  destruct (move_all_to_ok (m_queues rl) src dst Hne) as (q & -> & Hlen & Hper & Hoth); [by rewrite Hb..|].
  exists q. split; [done|]. split; [by apply rl_permute|done].
Qed.

Lemma release_each n p ks : forall h tl, pieces_ok n h (lists tl) -> NoDup ks -> Forall (waits p h (lists tl)) ks ->
  exists h' tl', for_each release (h, tl) ks = Ok (h', tl') /\ pieces_ok n h' (lists tl') /\
    (forall j, j ∉ ks -> waits p h (lists tl) j -> waits p h' (lists tl') j) /\
    (forall j, j ∉ ks -> runs p h (lists tl) j -> runs p h' (lists tl') j) /\
    (forall j, is_Some (transfers h' !! j) -> is_Some (transfers h !! j)) /\
    Forall (fun k => transfers h' !! k = None) ks.
Proof.
  induction ks as [|k ks IH]; intros h tl Hp Hn Hw.
  { exists h, tl. by split_and!. }
  apply NoDup_cons in Hn as [Hk Hn]. apply Forall_cons in Hw as [Hwk Hw]. cbn [for_each].
  destruct (release_waits n p h tl k Hp Hwk) as (h1 & tl1 & -> & [Hp1 _ Hd1 Hw1] & Hr1 & Hk1). res_simpl.
  destruct (IH h1 tl1 Hp1 Hn) as (h2 & tl2 & -> & Hp2 & Hw2 & Hr2 & Hd2 & Hks).
  { apply Forall_forall. intros j Hj. rewrite Forall_forall in Hw. apply Hw1; [by intros ->|by apply Hw]. }
  exists h2, tl2. split; [done|]. split; [done|]. split_and!.
  - intros j Hj Hjw. apply not_elem_of_cons in Hj as [? ?]. apply Hw2; [done|]. by apply Hw1.
  - intros j Hj Hjw. apply not_elem_of_cons in Hj as [? ?]. apply Hr2; [done|]. by apply Hr1.
  - intros j Hj. by apply Hd1, Hd2.
  - apply Forall_cons. split; [|done]. destruct (transfers h2 !! k) eqn:E2; [|done].
    destruct (Hd2 k) as [x Hx]; [by rewrite E2|]. by rewrite Hk1 in Hx.
Qed.

Lemma stalled_each n p ks : forall h tl, pieces_ok n h (lists tl) -> NoDup ks -> Forall (waits p h (lists tl)) ks -> Forall (low h) ks ->
  exists h' tl', for_each stalled (h, tl) ks = Ok (h', tl') /\ pieces_ok n h' (lists tl') /\
    (forall j, waits p h (lists tl) j -> waits p h' (lists tl') j) /\
    (forall j, j ∉ ks -> waits p h (lists tl) j -> transfers h' !! j = transfers h !! j) /\
    (forall j, j ∉ ks -> runs p h (lists tl) j -> runs p h' (lists tl') j).
Proof.
  induction ks as [|k ks IH]; intros h tl Hp Hn Hw Hlow.
  { exists h, tl. by split_and!. }
  apply NoDup_cons in Hn as [Hk Hn]. apply Forall_cons in Hw as [Hwk Hw]. apply Forall_cons in Hlow as [Hlk Hlow]. cbn [for_each].
  destruct (stalled_waits n p h tl k Hp Hwk Hlk) as (h1 & tl1 & -> & [Hp1 _ Hd1 Hw1] & Hr1 & Hk1). res_simpl.
  rewrite Forall_forall in Hw, Hlow.
  destruct (IH h1 tl1 Hp1 Hn) as (h2 & tl2 & -> & Hp2 & Hw2 & Hf2 & Hr2).
  { apply Forall_forall. intros j Hj. apply (Hw1 p j); [by intros ->|by apply Hw]. }
  { apply Forall_forall. intros j Hj. unfold low. destruct (Hw1 p j) as [_ ->]; [by intros ->|by apply Hw|by apply Hlow]. }
  exists h2, tl2. split; [done|]. split; [done|]. split_and!.
  - intros j Hj. apply Hw2. destruct (decide (j = k)) as [->|]; [done|]. by apply Hw1.
  - intros j Hj Hjw. apply not_elem_of_cons in Hj as [Hne Hj]. destruct (Hw1 p j Hne Hjw) as [Hjw1 E1]. by rewrite Hf2.
  - intros j Hj Hjr. apply not_elem_of_cons in Hj as [Hne Hj]. apply Hr2; [done|]. by apply (Hr1 p j).
Qed.

Lemma rl_fields p h ls rl rl' : m_transfer rl' = m_transfer rl -> m_queues rl' = m_queues rl -> rl_ok p h ls rl -> rl_ok p h ls rl'.
Proof. intros E1 E2 [Hl Hn Hw Hr]. split; unfold held in *; rewrite ?E1, ?E2; done. Qed.

Lemma held_nodup p h ls rl : rl_ok p h ls rl -> NoDup (concat (m_queues rl)) /\ forall k, m_transfer rl = Some k -> k ∉ concat (m_queues rl).
Proof.
  intros [_ Hn _ _]. unfold held in Hn. apply NoDup_app in Hn as (_ & Hd & Hn). split; [done|]. intros k E. apply Hd. rewrite E.
  by apply list_elem_of_singleton.
Qed.

Lemma queues_apart (q : list (list nat)) i j a b k : NoDup (concat q) -> i <> j -> q !! i = Some a -> q !! j = Some b -> k ∈ a -> k ∉ b.
Proof.
  intros Hn Hne Ha Hb Hka Hkb. pose proof (concat_set q i a [] Ha) as E. rewrite app_nil_r in E. rewrite <- E in Hn.
  apply NoDup_app in Hn as (_ & Hd & _). apply (Hd k); [|done]. apply (queue_in _ j b); [|done].
  unfold set_queue. by rewrite list_lookup_insert_ne.
Qed.

Lemma stall_queues_ok n p h tl rl : pieces_ok n h (lists tl) -> rl_ok p h (lists tl) rl -> Forall (low h) (concat (m_queues rl)) ->
  exists h' tl' rl', stall_queues (h, tl) rl = Ok (h', tl', rl') /\ pieces_ok n h' (lists tl') /\ rl_ok p h' (lists tl') rl'.
Proof.
  intros Hp Hrl Hlow. unfold stall_queues, queue_bucket_for_all_in_queue.
  destruct (held_nodup _ _ _ _ Hrl) as [Hn Ht].
  destruct (queue_lookup _ _ _ _ bucket_queued Hrl) as [q0 E0]; [bucket|].
  destruct (queue_lookup _ _ _ _ bucket_unordered Hrl) as [q1 E1]; [bucket|].
  assert (Hin0 : forall k, k ∈ q0 -> k ∈ concat (m_queues rl)) by (intros k; by apply (queue_in _ bucket_queued)).
  assert (Hin1 : forall k, k ∈ q1 -> k ∈ concat (m_queues rl)) by (intros k; by apply (queue_in _ bucket_unordered)).
  pose proof (rl_waits _ _ _ _ Hrl) as Hw. rewrite Forall_forall in Hw, Hlow.
  assert (queue_at (m_queues rl) bucket_queued = Ok q0) as -> by (unfold queue_at; by rewrite E0). res_simpl.
  destruct (stalled_each n p q0 h tl Hp) as (h1 & tl1 & -> & Hp1 & Hw1 & Hf1 & Hr1).
  { by apply (queue_nodup _ bucket_queued _ E0). }
  { apply Forall_forall. auto. }
  { apply Forall_forall. auto. }
  res_simpl. assert (Hrl1 : rl_ok p h1 (lists tl1) rl).
  { destruct Hrl as [Hl Hnd _ Hr]. split; try done; [apply Forall_forall; auto|]. intros k Ek. apply Hr1; [|by apply Hr].
    intros Hk. by apply (Ht k Ek), Hin0. }
  destruct (move_all_keeps p h1 (lists tl1) rl bucket_queued bucket_stalled Hrl1) as (q & -> & Hrl2 & Hoth);
    [done|bucket|bucket|]. res_simpl.
  assert (queue_at q bucket_unordered = Ok q1) as -> by (unfold queue_at; by rewrite Hoth, E1). res_simpl.
  destruct (stalled_each n p q1 h1 tl1 Hp1) as (h2 & tl2 & -> & Hp2 & Hw2 & Hf2 & Hr2).
  { by apply (queue_nodup _ bucket_unordered _ E1). }
  { apply Forall_forall. auto. }
  { apply Forall_forall. intros k Hk. unfold low. rewrite Hf1; [by apply Hlow, Hin1| |by auto].
    apply (queues_apart _ bucket_unordered bucket_queued _ _ k Hn ltac:(done) E1 E0 Hk). }
  res_simpl. assert (Hrl3 : rl_ok p h2 (lists tl2) (with_queues rl q)).
  { destruct Hrl2 as [Hl Hnd Hw' Hr]. split; try done.
    - eapply Forall_impl; [exact Hw'|]. auto.
    - intros k Ek. apply Hr2; [|by apply Hr]. intros Hk. by apply (Ht k Ek), Hin1. }
  destruct (move_all_keeps p h2 (lists tl2) _ bucket_unordered bucket_stalled Hrl3) as (q' & E' & Hrl4 & _);
    [done|bucket|bucket|].
  cbn [with_queues m_queues] in E'. rewrite E'. res_simpl. by do 3 eexists.
Qed.

(** ** The timers *)

Lemma ceil_seconds_le t : 0 <= t -> t <= ceil_seconds t.
Proof.
  intros Ht. unfold ceil_seconds, seconds. rewrite Z.quot_div_nonneg by lia.
  pose proof (Z.div_mod (t + 1 * 1000000 - 1) 1000000 ltac:(lia)). pose proof (Z.mod_pos_bound (t + 1 * 1000000 - 1) 1000000 ltac:(lia)). lia.
Qed.

Lemma time_checks now t : days 365 <= now -> 0 <= t <= seconds 60 ->
  (days (10 * 365) <? t) = false /\ (ceil_seconds (now + t) =? 0) = false /\ (ceil_seconds (now + t) <? days 365) = false.
Proof.
  intros Hn Ht. pose proof (ceil_seconds_le (now + t)) as Hc. unfold days, seconds in *. specialize (Hc ltac:(lia)).
  split_and!; [apply Z.ltb_ge; lia|apply Z.eqb_neq; lia|apply Z.ltb_ge; lia].
Qed.

Lemma update_wait_ok now e t : days 365 <= now -> 0 <= t <= seconds 60 ->
  update_wait_for_ceil_seconds now e t = Ok (Some (ceil_seconds (now + t))).
Proof.
  intros Hn Ht. destruct (time_checks now t Hn Ht) as (E1 & E2 & E3). unfold update_wait_for_ceil_seconds, update_wait_until.
  by rewrite E1, E2, E3.
Qed.

Lemma wait_ok now e t : days 365 <= now -> 0 <= t <= seconds 60 -> is_scheduled e = false ->
  wait_for_ceil_seconds now e t = Ok (Some (ceil_seconds (now + t))).
Proof.
  intros Hn Ht He. destruct (time_checks now t Hn Ht) as (E1 & E2 & E3). unfold wait_for_ceil_seconds, wait_until.
  by rewrite E1, E2, E3, He.
Qed.

(** ** Each operation *)

Lemma choked_ok now p h ls rl : days 365 <= now -> rl_ok p h ls rl -> exists rl', choked now rl = Ok rl' /\ rl_ok p h ls rl'.
Proof.
  intros Hnow Hrl. unfold choked. cbn [with_choke m_queues].
  assert (Hrl0 : rl_ok p h ls (with_choke rl now)) by (by apply (rl_fields p h ls rl)).
  destruct (queue_lookup _ _ _ _ bucket_queued Hrl) as [q0 E0]; [bucket|].
  destruct (queue_lookup _ _ _ _ bucket_unordered Hrl) as [q1 E1]; [bucket|].
  unfold queue_empty, queue_at. rewrite E0, E1. res_simpl.
  assert (Hmove : exists rl', (q ← move_all_to (m_queues rl) bucket_queued bucket_choked;
      q ← move_all_to q bucket_unordered bucket_choked;
      q ← move_all_to q bucket_stalled bucket_choked;
      e ← update_wait_for_ceil_seconds now (m_delay_remove_choked (with_choke rl now)) timeout_remove_choked;
      Ok (with_remove_choked (with_queues (with_choke rl now) q) e)) = Ok rl' /\ rl_ok p h ls rl').
  { destruct (move_all_keeps p h ls _ bucket_queued bucket_choked Hrl0) as (qa & Ea & Ha & _); [done|bucket|bucket|].
    cbn [with_choke m_queues] in Ea. rewrite Ea. res_simpl.
    destruct (move_all_keeps p h ls _ bucket_unordered bucket_choked Ha) as (qb & Eb & Hb & _); [done|bucket|bucket|].
    cbn [with_queues m_queues] in Eb. rewrite Eb. res_simpl.
    destruct (move_all_keeps p h ls _ bucket_stalled bucket_choked Hb) as (qc & Ec & Hc & _); [done|bucket|bucket|].
    cbn [with_queues m_queues] in Ec. rewrite Ec. res_simpl.
    rewrite update_wait_ok by (done || (unfold timeout_remove_choked, seconds; lia)). res_simpl.
    eexists. split; [reflexivity|]. by eapply rl_fields; [| |exact Hc]. }
  destruct q0; [|done]. destruct q1; [by eexists|done].
Qed.

Lemma unchoked_ok now p h ls rl : days 365 <= now -> rl_ok p h ls rl -> exists rl', unchoked now rl = Ok rl' /\ rl_ok p h ls rl'.
Proof.
  intros Hnow Hrl. unfold unchoked. cbn [with_unchoke m_queues].
  destruct (queue_lookup _ _ _ _ bucket_choked Hrl) as [q3 E3]; [bucket|].
  unfold queue_empty, queue_at. rewrite E3. res_simpl. destruct q3; cbn [negb].
  - eexists. split; [reflexivity|]. by apply (rl_fields p h ls rl).
  - rewrite update_wait_ok by (done || (unfold timeout_remove_choked, seconds; lia)). res_simpl.
    eexists. split; [reflexivity|]. by apply (rl_fields p h ls rl).
Qed.

(** Releasing the first requests of a queue. *)
Lemma destroy_keeps n p h tl rl idx last l : pieces_ok n h (lists tl) -> rl_ok p h (lists tl) rl -> m_queues rl !! idx = Some l ->
  (last <= length l)%nat ->
  exists h' tl' q', QueueBuckets.destroy release (h, tl) (m_queues rl) idx 0 last = Ok ((h', tl'), q') /\
    pieces_ok n h' (lists tl') /\ rl_ok p h' (lists tl') (with_queues rl q').
Proof.
  intros Hp Hrl Hl Hlast. destruct (range_ok l 0 last) as (pre & mid & post & Er & El & _); [lia|done|].
  destruct (held_nodup _ _ _ _ Hrl) as [Hn Ht]. pose proof (rl_waits _ _ _ _ Hrl) as Hw. rewrite Forall_forall in Hw.
  assert (Hmid : forall k, k ∈ mid -> k ∈ l) by (intros k Hk; rewrite El, !elem_of_app; tauto).
  assert (Hnl : NoDup l) by (by apply (queue_nodup _ idx _ Hl)).
  destruct (release_each n p mid h tl Hp) as (h' & tl' & E & Hp' & Hw' & Hr' & _).
  { rewrite El in Hnl. apply NoDup_app in Hnl as (_ & _ & Hnl). by apply NoDup_app in Hnl as (? & _). }
  { apply Forall_forall. intros k Hk. apply Hw, (queue_in _ idx l); auto. }
  destruct (destroy_ok release (h, tl) (h', tl') (m_queues rl) idx 0 last l pre mid post Hl Er El E) as (q' & -> & Hlen & Hper).
  do 3 eexists. split; [reflexivity|]. split; [done|]. destruct Hrl as [Hb Hnd _ Hr]. rewrite Hper in Hn.
  apply NoDup_app in Hn as (_ & Hdis & Hn').
  split; cbn [with_queues m_queues m_transfer].
  - by rewrite Hlen.
  - unfold held in *. cbn [with_queues m_queues m_transfer]. rewrite Hper in Hnd. apply NoDup_app in Hnd as (H1 & H2 & _).
    apply NoDup_app. split; [done|]. split; [|done]. intros k Hk Hx. apply (H2 k Hk), elem_of_app. by right.
  - apply Forall_forall. intros k Hk. apply Hw'; [intros Hx; by apply (Hdis k)|]. apply Hw. rewrite Hper. apply elem_of_app. by right.
  - intros k Ek. apply Hr'; [|by apply Hr]. intros Hx. apply (Ht k Ek), (queue_in _ idx l); auto.
Qed.

Lemma clear_queue_ok n p h tl rl idx : pieces_ok n h (lists tl) -> rl_ok p h (lists tl) rl -> (idx < bucket_count)%nat ->
  exists h' tl' rl', clear_queue (h, tl) rl idx = Ok (h', tl', rl') /\ pieces_ok n h' (lists tl') /\ rl_ok p h' (lists tl') rl' /\
    m_transfer rl' = m_transfer rl.
Proof.
  intros Hp Hrl Hi. destruct (queue_lookup _ _ _ _ idx Hrl Hi) as [l El]. unfold clear_queue, QueueBuckets.clear, queue_at.
  rewrite El. res_simpl. destruct (destroy_keeps n p h tl rl idx (length l) l Hp Hrl El) as (h' & tl' & q' & -> & Hp' & Hrl'); [lia|].
  res_simpl. by do 3 eexists.
Qed.

Lemma delay_process_unordered_ok n now p h tl rl : days 365 <= now -> pieces_ok n h (lists tl) -> rl_ok p h (lists tl) rl ->
  exists h' tl' rl', delay_process_unordered now (h, tl) rl = Ok (h', tl', rl') /\ pieces_ok n h' (lists tl') /\ rl_ok p h' (lists tl') rl'.
Proof.
  intros Hnow Hp Hrl. unfold delay_process_unordered, unordered_size, queue_size.
  destruct (queue_lookup _ _ _ _ bucket_unordered Hrl) as [l El]; [bucket|].
  cbn [with_process_unordered m_queues]. unfold queue_at. rewrite El. res_simpl.
  cbn [with_position with_process_unordered m_queues m_last_unordered_position].
  destruct (destroy_keeps n p h tl rl bucket_unordered (Z.to_nat (Z.min (m_last_unordered_position rl) (zlen l))) l Hp Hrl El)
    as (h' & tl' & q' & -> & Hp' & Hrl'); [unfold zlen; lia|].
  res_simpl. destruct (queue_lookup _ _ _ _ bucket_unordered Hrl') as [l' El']; [bucket|].
  cbn [with_queues m_queues] in El' |- *. rewrite El'. res_simpl. destruct (negb (zlen l' =? 0)).
  - cbn [with_position with_queues with_process_unordered m_delay_process_unordered].
    rewrite wait_ok by (done || (unfold timeout_process_unordered, seconds; lia)). res_simpl.
    do 3 eexists. split; [reflexivity|]. split; [done|]. by eapply rl_fields; [| |exact Hrl'].
  - do 3 eexists. split; [reflexivity|]. split; [done|]. by eapply rl_fields; [| |exact Hrl'].
Qed.

(** The current transfer can be given up. *)
Definition may_skip (h : Heap) (rl : RequestList) : Prop :=
  forall k t, m_transfer rl = Some k -> transfers h !! k = Some t -> m_block t <> None -> BlockTransfer.is_finished t = false.

Lemma skipped_ok n p h tl rl k : pieces_ok n h (lists tl) -> rl_ok p h (lists tl) rl -> m_transfer rl = Some k -> may_skip h rl ->
  exists h' tl', skipped (h, tl) rl = Ok (h', tl', with_transfer rl None) /\ pieces_ok n h' (lists tl') /\
    rl_ok p h' (lists tl') (with_transfer rl None).
Proof.
  intros Hp Hrl Ek Hs. unfold skipped. rewrite Ek.
  destruct (release_runs n p h tl k Hp (rl_runs _ _ _ _ Hrl k Ek) (fun t => Hs k t Ek)) as (h' & tl' & -> & [Hp' _ _ Hw'] & _). res_simpl.
  do 2 eexists. split; [reflexivity|]. split; [done|]. destruct (held_nodup _ _ _ _ Hrl) as [Hn Ht].
  destruct Hrl as [Hb _ Hw _]. split; try done. cbn [with_transfer m_queues]. rewrite Forall_forall in Hw. apply Forall_forall.
  intros j Hj. apply Hw'; [|by apply Hw]. intros ->. by apply (Ht k Ek).
Qed.

Lemma clear_ok n p h tl rl : pieces_ok n h (lists tl) -> rl_ok p h (lists tl) rl -> may_skip h rl ->
  exists h' tl' rl', clear (h, tl) rl = Ok (h', tl', rl') /\ pieces_ok n h' (lists tl') /\ rl_ok p h' (lists tl') rl' /\ m_transfer rl' = None.
Proof.
  intros Hp Hrl Hs. unfold clear.
  assert (H0 : exists h0 tl0 rl0,
    (if is_downloading rl then skipped (h, tl) rl else Ok (((h, tl) : World), rl)) = Ok (((h0, tl0) : World), rl0) /\
    pieces_ok n h0 (lists tl0) /\ rl_ok p h0 (lists tl0) rl0 /\ m_transfer rl0 = None).
  { unfold is_downloading. destruct (m_transfer rl) as [k|] eqn:Ek; [|by do 3 eexists].
    destruct (skipped_ok n p h tl rl k Hp Hrl Ek Hs) as (h' & tl' & -> & ? & ?). by do 3 eexists. }
  destruct H0 as (h0 & tl0 & rl0 & -> & Hp0 & Hrl0 & E0). res_simpl.
  destruct (clear_queue_ok n p h0 tl0 rl0 bucket_queued Hp0 Hrl0) as (h1 & tl1 & rl1 & -> & Hp1 & Hrl1 & E1); [bucket|]. res_simpl.
  destruct (clear_queue_ok n p h1 tl1 rl1 bucket_unordered Hp1 Hrl1) as (h2 & tl2 & rl2 & -> & Hp2 & Hrl2 & E2); [bucket|]. res_simpl.
  destruct (clear_queue_ok n p h2 tl2 rl2 bucket_stalled Hp2 Hrl2) as (h3 & tl3 & rl3 & -> & Hp3 & Hrl3 & E3); [bucket|]. res_simpl.
  destruct (clear_queue_ok n p h3 tl3 rl3 bucket_choked Hp3 Hrl3) as (h4 & tl4 & rl4 & -> & Hp4 & Hrl4 & E4); [bucket|].
  do 3 eexists. split; [reflexivity|]. split_and!; try done. congruence.
Qed.

(** ** An incoming piece *)

(** The request [k] is for the piece's place, whatever its length. *)
Definition matches (h : Heap) (piece : Piece.Piece) (k : nat) : bool :=
  match transfers h !! k with
  | Some t => (Piece.m_index piece =? Piece.m_index (BlockTransfer.m_piece t)) && (Piece.m_offset piece =? Piece.m_offset (BlockTransfer.m_piece t))
  | None => false
  end.

Lemma same_piece_ok h piece k : is_Some (transfers h !! k) -> same_piece h piece k = Ok (matches h piece k).
Proof. intros [t Ht]. unfold same_piece, matches, get. by rewrite Ht. Qed.

Lemma find_if_ok h piece l : Forall (fun k => is_Some (transfers h !! k)) l -> exists i, find_if (same_piece h piece) l = Ok i /\
  ((i = length l /\ Forall (fun k => matches h piece k = false) l) \/
   ((i < length l)%nat /\ exists k, l !! i = Some k /\ matches h piece k = true)).
Proof.
  induction 1 as [|k l Hk Hl IH]; simpl.
  { exists 0%nat. split; [done|]. by left. }
  rewrite (same_piece_ok h piece k Hk). res_simpl. destruct (matches h piece k) eqn:Em.
  - exists 0%nat. split; [done|]. right. split; [lia|]. by exists k.
  - destruct IH as (i & -> & Hc). res_simpl. exists (S i). split; [done|].
    destruct Hc as [[-> Hf]|[Hi (j & Hj & Hm)]]; [left; split; [done|by constructor]|right; split; [lia|by exists j]].
Qed.

Lemma find_in_queues_ok h piece q : forall i e, Forall (fun k => is_Some (transfers h !! k)) (concat q) ->
  exists idx itr, find_in_queues (same_piece h piece) q i e = Ok (idx, itr) /\
    ((idx = (i + length q)%nat /\ Forall (fun k => matches h piece k = false) (concat q)) \/
     exists j l k, idx = (i + j)%nat /\ q !! j = Some l /\ l !! itr = Some k /\ matches h piece k = true).
Proof.
  induction q as [|l q IH]; intros i e Hl; cbn [find_in_queues].
  { exists i, e. split; [done|]. left. split; [simpl; lia|constructor]. }
  simpl in Hl. apply Forall_app in Hl as [Hl Hq]. destruct (find_if_ok h piece l Hl) as (itr & -> & Hc). res_simpl.
  destruct Hc as [[-> Hf]|[Hi (k & Hk & Hm)]].
  - rewrite Nat.eqb_refl. cbn [negb]. destruct (IH (S i) (length l) Hq) as (idx & it & -> & Hc). exists idx, it. split; [done|].
    destruct Hc as [[-> Hf2]|(j & x & k & -> & Hj & Hx & Hm)].
    + left. split; [simpl; lia|]. simpl. by apply Forall_app.
    + right. exists (S j), x, k. split; [lia|done].
  - rewrite (proj2 (Nat.eqb_neq itr (length l))) by lia. cbn [negb]. exists i, itr. split; [done|].
    right. exists 0%nat, l, k. split; [lia|done].
Qed.

(** What is left of the list when [k] is taken out. *)
Definition taken (k : nat) (rl rl' : RequestList) : Prop :=
  m_transfer rl' = Some k /\ length (m_queues rl') = length (m_queues rl) /\ concat (m_queues rl) ≡ₚ k :: concat (m_queues rl').

Lemma take_transfer_ok rl idx itr l k : m_queues rl !! idx = Some l -> l !! itr = Some k ->
  exists rl', take_transfer rl idx itr = Ok (k, rl') /\ taken k rl rl'.
Proof.
  intros Hq Hl. unfold take_transfer. destruct (take_ok (m_queues rl) idx itr l k Hq Hl) as (q & -> & ? & ?). res_simpl.
  eexists. split; [reflexivity|]. by split_and!.
Qed.

Lemma prepare_process_unordered_ok now p h ls rl itr l : days 365 <= now -> rl_ok p h ls rl -> m_queues rl !! bucket_queued = Some l ->
  (itr < length l)%nat ->
  exists rl', prepare_process_unordered now rl itr = Ok rl' /\ m_queues rl' !! bucket_queued = Some (drop itr l) /\
    length (m_queues rl') = length (m_queues rl) /\ concat (m_queues rl') ≡ₚ concat (m_queues rl) /\ m_transfer rl' = m_transfer rl.
Proof.
  intros Hnow Hrl Hl Hi. unfold prepare_process_unordered. pose proof (rl_buckets _ _ _ _ Hrl) as Hb.
  destruct (move_to_ok (m_queues rl) bucket_queued 0 itr bucket_unordered l) as (q & -> & Hlen & Hper & Hd & _); try done;
    [rewrite Hb; bucket|lia|lia|].
  res_simpl. specialize (Hd eq_refl Hi). cbn [with_queues m_delay_process_unordered].
  destruct (is_scheduled (m_delay_process_unordered rl)) eqn:Es; [eexists; split; [reflexivity|]; by split_and!|].
  rewrite wait_ok by (done || (unfold timeout_process_unordered, seconds; lia)). res_simpl.
  unfold unordered_size, queue_size. cbn [with_process_unordered with_queues m_queues].
  destruct (queue_at_ok q bucket_unordered) as (x & -> & _); [rewrite Hlen, Hb; bucket|]. res_simpl.
  eexists. split; [reflexivity|]. by split_and!.
Qed.

Lemma take_found_ok now p h ls rl idx itr l k : days 365 <= now -> rl_ok p h ls rl -> m_queues rl !! idx = Some l -> l !! itr = Some k ->
  exists rl', take_found now rl idx itr = Ok (Some (k, rl')) /\ taken k rl rl'.
Proof.
  intros Hnow Hrl Hq Hl. pose proof (rl_buckets _ _ _ _ Hrl) as Hb. pose proof (lookup_lt_Some _ _ _ Hq) as Hidx. rewrite Hb in Hidx.
  unfold take_found. destruct idx as [|[|[|[|?]]]]; [..|unfold bucket_count in Hidx; lia]; cbn [Nat.eqb bucket_queued bucket_unordered bucket_stalled bucket_choked].
  - destruct (Nat.eqb_spec itr 0) as [->|Hne]; cbn [negb].
    + res_simpl. destruct (take_transfer_ok rl 0 0 l k Hq Hl) as (rl' & -> & ?). res_simpl. by eexists.
    + destruct (prepare_process_unordered_ok now p h ls rl itr l Hnow Hrl Hq) as (rl1 & -> & Hq1 & Hlen & Hper & Et); [by eapply lookup_lt_Some|].
      res_simpl. destruct (take_transfer_ok rl1 0 0 _ k Hq1) as (rl' & -> & E1 & E2 & E3).
      { by rewrite lookup_drop, Nat.add_0_r. }
      res_simpl. eexists. split; [reflexivity|]. split_and!; [done|congruence|]. by rewrite <- Hper.
  - set (rl1 := if _ <? _ then _ else _). assert (E : m_queues rl1 = m_queues rl) by (unfold rl1; by destruct (_ <? _)).
    destruct (take_transfer_ok rl1 1 itr l k) as (rl' & -> & E1 & E2 & E3); [by rewrite E|done|]. res_simpl.
    eexists. split; [reflexivity|]. rewrite E in *. by split_and!.
  - destruct (take_transfer_ok rl 2 itr l k Hq Hl) as (rl' & -> & ?). res_simpl. by eexists.
  - destruct (take_transfer_ok rl 3 itr l k Hq Hl) as (rl' & -> & ?). res_simpl.
    rewrite update_wait_ok by (done || (unfold timeout_choked_received, seconds; lia)). res_simpl. by eexists.
Qed.

(** Another transfer takes the place of the taken one. *)
Lemma rl_replace p h ls rl q d : length q = bucket_count -> NoDup (concat q) -> Forall (waits p h ls) (concat q) -> m_queues rl = q ->
  m_transfer rl = Some d -> d ∉ concat q -> runs p h ls d -> rl_ok p h ls rl.
Proof.
  intros Hl Hn Hw Eq Et Hd Hr. split; rewrite ?Eq; try done.
  - unfold held. rewrite Et, Eq. simpl. by apply NoDup_cons.
  - intros k Ek. rewrite Et in Ek. by injection Ek as <-.
Qed.

(** What [downloading] may answer. *)
Inductive outcome (n : Z) (p : nat) (h : Heap) (tl : TransferList) (rl : RequestList) (piece : Piece.Piece)
    : res (answer * World * RequestList) -> Prop :=
  | Unknown d t h' :
      Forall (fun k => matches h piece k = false) (concat (m_queues rl)) ->
      transfers h !! d = None -> transfers h' = <[d := t]> (transfers h) -> BlockTransfer.m_piece t = piece -> m_block t = None ->
      pieces_ok n h' (lists tl) -> rl_ok p h' (lists tl) (with_transfer rl (Some d)) ->
      outcome n p h tl rl piece (Ok (Returned false, (h', tl), with_transfer rl (Some d)))
  | WrongLength k t rl' :
      matches h piece k = true -> transfers h !! k = Some t ->
      Piece.m_length piece <> Piece.m_length (BlockTransfer.m_piece t) -> Piece.m_length piece <> 0 ->
      concat (m_queues rl) ≡ₚ k :: concat (m_queues rl') -> m_transfer rl' = Some k -> waits p h (lists tl) k ->
      rl_ok p h (lists tl) (with_transfer rl' None) ->
      outcome n p h tl rl piece (Ok (Thrown communication_error, (h, tl), rl'))
  | Refused k t d h' tl' rl' :
      matches h piece k = true -> transfers h !! k = Some t -> Piece.m_length piece = 0 ->
      Piece.m_length (BlockTransfer.m_piece t) <> 0 ->
      concat (m_queues rl) ≡ₚ k :: concat (m_queues rl') -> m_transfer rl' = Some d -> k ∉ all_members (lists tl') ->
      pieces_ok n h' (lists tl') -> rl_ok p h' (lists tl') rl' ->
      outcome n p h tl rl piece (Ok (Returned false, (h', tl'), rl'))
  | Stale k t rl' :
      matches h piece k = true -> transfers h !! k = Some t -> m_block t = None ->
      Piece.m_length piece = Piece.m_length (BlockTransfer.m_piece t) ->
      concat (m_queues rl) ≡ₚ k :: concat (m_queues rl') -> m_transfer rl' = Some k ->
      pieces_ok n h (lists tl) -> rl_ok p h (lists tl) rl' ->
      outcome n p h tl rl piece (Ok (Returned false, (h, tl), rl'))
  | Started k t h' tl' rl' :
      matches h piece k = true -> transfers h !! k = Some t -> m_block t <> None ->
      Piece.m_length piece = Piece.m_length (BlockTransfer.m_piece t) ->
      concat (m_queues rl) ≡ₚ k :: concat (m_queues rl') -> m_transfer rl' = Some k ->
      pieces_ok n h' (lists tl') -> rl_ok p h' (lists tl') rl' ->
      outcome n p h tl rl piece (Ok (Returned true, (h', tl'), rl')).

Lemma dom_size (h h' : Heap) : (forall j, is_Some (transfers h' !! j) -> is_Some (transfers h !! j)) ->
  (base.size (transfers h') <= base.size (transfers h))%nat.
Proof.
  intros Hd. rewrite <- !(size_dom (D := gset nat)). apply subseteq_size. intros j. rewrite !elem_of_dom. apply Hd.
Qed.

Lemma downloading_ok n now p h tl rl piece : days 365 <= now -> Z.of_nat (base.size (transfers h)) < 2 ^ 32 - 1 ->
  pieces_ok n h (lists tl) -> rl_ok p h (lists tl) rl -> m_transfer rl = None ->
  outcome n p h tl rl piece (downloading now (h, tl) p rl piece).
Proof.
  intros Hnow Hsz Hp Hrl Ht. pose proof Hrl as [Hb Hn Hw _]. destruct (held_nodup _ _ _ _ Hrl) as [Hnq _].
  assert (Hlive : Forall (fun k => is_Some (transfers h !! k)) (concat (m_queues rl))).
  { eapply Forall_impl; [exact Hw|]. intros k (t & -> & _). by eexists. }
  unfold downloading, is_downloading, queue_bucket_find_if_in_any. rewrite Ht. res_simpl. cbn [fst].
  destruct (find_in_queues_ok h piece (m_queues rl) 0 0 Hlive) as (idx & itr & -> & Hc). res_simpl.
  destruct Hc as [[-> Hno]|(j & l & k & -> & Hj & Hk & Hm)].
  { rewrite Hb. cbn [Nat.add take_found]. unfold take_found. cbn [Nat.eqb bucket_count bucket_queued bucket_unordered bucket_stalled bucket_choked]. res_simpl.
    unfold downloading_error. cbn [fst snd]. destruct (dummy_ok n p h (lists tl) piece Hp Hsz) as (d & h' & t & -> & Hp' & Hd & Eh & Epc & Ebl & Hrun & Hkeep).
    res_simpl. eapply Unknown; try done. eapply (rl_replace _ _ _ _ (m_queues rl) d); try done.
    - eapply Forall_impl; [exact Hw|]. auto.
    - intros Hin. rewrite Forall_forall in Hlive. destruct (Hlive d Hin) as [x Hx]. by rewrite Hd in Hx. }
  cbn [Nat.add]. destruct (take_found_ok now p h (lists tl) rl j itr l k Hnow Hrl Hj Hk) as (rl' & -> & Et' & Hlen & Hper). res_simpl.
  rewrite Forall_forall in Hw. assert (Hkin : k ∈ concat (m_queues rl)) by (rewrite Hper; left).
  pose proof (Hw k Hkin) as Hwk. pose proof Hwk as (t & Hkt & Hpt & Hplace). unfold get. rewrite Hkt. res_simpl.
  rewrite Hper in Hnq. apply NoDup_cons in Hnq as [Hknot Hnq']. rewrite Hb in Hlen.
  assert (Hwrest : Forall (waits p h (lists tl)) (concat (m_queues rl'))).
  { apply Forall_forall. intros i Hi. apply Hw. rewrite Hper. by right. }
  assert (Hne : forall i, i ∈ concat (m_queues rl') -> i <> k) by (by intros i Hi ->).
  rewrite Forall_forall in Hwrest.
  destruct (Z.eqb_spec (Piece.m_length piece) (Piece.m_length (BlockTransfer.m_piece t))) as [Elen|Elen]; cbn [negb].
  - unfold is_valid. destruct (m_block t) as [a|] eqn:Ebl; cbn [negb].
    + assert (HQ : k ∈ all_queued (lists tl)) by (destruct Hplace as [[? _]|?]; [congruence|done]).
      destruct (transfering_queued n p h tl k Hp Hwk HQ) as (h' & tl' & -> & [Hp' _ _ Hw'] & Hrun). res_simpl.
      eapply Started; try done; [congruence|]. eapply (rl_replace _ _ _ _ (m_queues rl') k); try done.
      apply Forall_forall. intros i Hi. apply Hw'; auto.
    + assert (Hloose : k ∉ all_members (lists tl)).
      { destruct Hplace as [[_ ?]|HQ]; [done|]. destruct (queued_valid n h _ k Hp HQ) as (t' & Ht' & Hb' & _). congruence. }
      eapply Stale; try done. eapply (rl_replace _ _ _ _ (m_queues rl') k); try done; [by apply Forall_forall|].
      exists t. split_and!; try done. by left.
  - destruct (Z.eqb_spec (Piece.m_length piece) 0) as [E0|E0]; cbn [negb]; res_simpl.
    2: { eapply WrongLength; try done. split; cbn [with_transfer m_queues m_transfer held option_list app]; try done. by apply Forall_forall. }
    destruct (release_waits n p h tl k Hp Hwk) as (h1 & tl1 & -> & [Hp1 _ Hd1 Hw1] & _ & Hk1). res_simpl.
    pose proof (dom_size h h1 Hd1). unfold downloading_error. cbn [fst snd].
    destruct (dummy_ok n p h1 (lists tl1) piece Hp1) as (d & h' & td & -> & Hp' & Hd & Eh & Epc & Ebl & Hrun & Hkeep); [lia|].
    assert (Hdk : k ∉ all_members (lists tl1)).
    { intros Hin. apply (all_members_known n h1 _ k (po_lists _ _ _ Hp1)) in Hin as [x Hx]. by rewrite Hk1 in Hx. }
    res_simpl. eapply (Refused n p h tl rl piece k t d); try done; [congruence|].
    eapply (rl_replace _ _ _ _ (m_queues rl') d); try done.
    + apply Forall_forall. intros i Hi. apply Hkeep, Hw1; auto.
    + intros Hin. destruct (Hw1 p d (Hne d Hin) (Hwrest d Hin)) as [(x & Hx & _) _]. by rewrite Hd in Hx.
Qed.

(** ** The end of a transfer *)

(** The current transfer leads its block and has all of it. *)
Definition may_finish (h : Heap) (rl : RequestList) : Prop :=
  exists k t, m_transfer rl = Some k /\ transfers h !! k = Some t /\ m_block t <> None /\ m_state t = STATE_LEADER /\
    BlockTransfer.is_finished t = true.

Lemma finished_place n p h tl rl k t : pieces_ok n h (lists tl) -> rl_ok p h (lists tl) rl -> m_transfer rl = Some k ->
  transfers h !! k = Some t -> m_block t <> None ->
  exists L1 l L2 pre b post, lists tl = L1 ++ with_blocks l (pre ++ b :: post) :: L2 /\ m_block t = Some (self b) /\
    self b = (index l, length pre) /\ wf h b /\ b_state b = STATE_INCOMPLETE /\ k ∈ m_transfers b /\ (k ∉ m_queued b) /\
    (m_state t = STATE_LEADER -> m_leader b = Some k).
Proof.
  intros Hp Hrl Ek Ht Hb. destruct (rl_runs _ _ _ _ Hrl k Ek) as (t' & Ht' & _ & Hpl). rewrite Ht in Ht'. injection Ht' as <-.
  destruct Hpl as [[? _]|(_ & Hin & _)]; [done|].
  destruct (locate members (lists tl) k Hin) as (L1 & l & L2 & pre & b & post & El & Hk). rewrite El in Hp.
  destruct (block_known n h L1 L2 l pre post b Hp) as [Hw Hs]. destruct (valid_place h b k t Hw Ht Hb Hk) as (Ei & Hbt & Hc).
  exists L1, l, L2, pre, b, post. destruct Hc as [(HQ & _)|(HT & HQ & Hc)].
  - exfalso. destruct (rl_runs _ _ _ _ Hrl k Ek) as (t' & Ht' & _ & [[? _]|(_ & _ & Hno)]); [congruence|]. apply Hno.
    rewrite El. apply elem_of_flat. eexists _, b. split; [apply elem_of_app; right; left|]. split; [|done]. cbn [with_blocks blocks]. apply elem_of_app. right. left.
  - split_and!; try done. intros Hst. destruct Hc as [[? _]|(_ & ? & _)]; [done|congruence].
Qed.

(** A block that completes lets go of the requests that wait in it; those of
    this list stay in their queues. *)
Lemma finished_waits n p h h' L1 L2 l l' pre post b b' j :
  pieces_ok n h (L1 ++ with_blocks l (pre ++ b :: post) :: L2) -> m_queued b' = [] ->
  (forall j, j ∈ m_transfers b' -> j ∈ m_transfers b) -> (forall j, j ∉ members b -> transfers h' !! j = transfers h !! j) ->
  (forall j t, j ∈ m_queued b -> transfers h !! j = Some t -> m_peer_info t <> None -> transfers h' !! j = Some (set_block t None)) ->
  waits p h (L1 ++ with_blocks l (pre ++ b :: post) :: L2) j -> waits p h' (L1 ++ with_blocks l' (pre ++ b' :: post) :: L2) j.
Proof.
  intros Hp EQ HT Hout HQ (t & Ht & Hpt & Hc).
  pose proof (wf_nodup h b (proj1 (block_known n h L1 L2 l pre post b Hp))) as Hn. apply NoDup_app in Hn as (_ & Hd & _).
  assert (Hno : forall i, i ∉ members b \/ i ∈ m_queued b -> i ∈ members b' -> False).
  { intros i Hi Hx. unfold members in Hx. rewrite EQ in Hx. apply HT in Hx. destruct Hi as [Hi|Hi]; [|by apply (Hd i)].
    apply Hi, elem_of_app. by right. }
  unfold waits. unfold all_members, all_queued in *. setoid_rewrite flat_split. setoid_rewrite elem_of_app.
  destruct Hc as [[Hb Hj]|Hj]; rewrite flat_split, elem_of_app in Hj.
  - exists t. rewrite Hout by tauto. split_and!; try done. left. split; [done|]. intros [Hx|Hx]; [|tauto]. by apply (Hno j); [left; tauto|].
  - destruct Hj as [Hj|Hj].
    + exists (set_block t None). rewrite (HQ j t) by (done || congruence). split_and!; try done. left. split; [done|].
      intros [Hx|Hx]; [by apply (Hno j); [right|]|]. apply (apart n h L1 L2 l pre post b Hp j Hx), elem_of_app. by left.
    + exists t. rewrite Hout; [split_and!; try done; by right; right|].
      by apply (apart n h L1 L2 l pre post b Hp j), others_queued.
Qed.

Lemma request_finished_ok n p h tl rl : pieces_ok n h (lists tl) -> rl_ok p h (lists tl) rl -> may_finish h rl ->
  exists h' tl', finished (h, tl) rl = Ok (h', tl', with_transfer rl None) /\ pieces_ok n h' (lists tl') /\
    rl_ok p h' (lists tl') (with_transfer rl None).
Proof.
  intros Hp Hrl (k & t & Ek & Ht & Hb & Hst & Hfin).
  destruct (finished_place n p h tl rl k t Hp Hrl Ek Ht Hb) as (L1 & l & L2 & pre & b & post & El & Eb & Es & Hw & Ei & HkT & _ & Hld).
  specialize (Hld Hst). pose proof Hp as Hp0. rewrite El in Hp0. pose proof (po_lists _ _ _ Hp0) as Hls. apply Forall_app in Hls as [_ [Hlw _]%Forall_cons].
  set (l0 := with_blocks l (pre ++ b :: post)) in *.
  assert (Hlook : blocks l0 !! length pre = Some b) by (by apply list_lookup_middle).
  assert (Hlok : BlockList.list_ok h l0).
  { destruct Hlw as [_ Hlb Hlf Hlz]. split; try done. apply Forall_lookup. intros i x Hx. by apply (Hlb i x Hx). }
  assert (Hbf : Block.is_finished h b = Ok true) by (unfold Block.is_finished, get; rewrite Hld, Ht; res_simpl; by rewrite Hfin).
  pose proof (completed_counts h l0 (length pre) k b (po_heap _ _ _ Hp) Hlok Hlook Hld Ei Hbf) as (r & h' & l' & Ec & Hok' & (b' & Ebs & Hw' & _) & Efin & _).
  assert (Hrest : completed_rest h b k = Ok (h', b') /\ m_piece l' = m_piece l /\ l' = with_blocks l' (pre ++ b' :: post)).
  { unfold completed in Ec. rewrite Hlook in Ec. res_simpl. apply bind_ok in Ec as (? & _ & Ec). apply bind_ok in Ec as (m & _ & Ec).
    apply bind_ok in Ec as (? & _ & Ec). apply bind_ok in Ec as ([h1 b1] & Er & Ec). injection Ec as _ <- <-.
    cbn [with_blocks blocks inc_finished set_finished l0] in Ebs |- *. rewrite !insert_middle in *. apply app_inv_head in Ebs. injection Ebs as ->. done. }
  destruct Hrest as (Hrest & Epc & El').
  destruct (completed_frame h b k h' b' (wf_nodup h b Hw) HkT Hrest) as (Eself & EQ & HT & Hout & HQ).
  assert (Ebs' : blocks l' = pre ++ b' :: post) by (rewrite El'; done).
  unfold finished. rewrite Ek. cbn [fst snd]. unfold get at 1. rewrite Ht. res_simpl. unfold is_valid. rewrite Eb. cbn [negb]. res_simpl.
  unfold TransferList.finished, get. rewrite Ht. res_simpl. rewrite Eb, Es. unfold list_of, find. cbn [fst snd].
  change (index l) with (index l0). rewrite El, find_from_middle by apply Hp0. res_simpl.
  rewrite list_lookup_middle by done. res_simpl. rewrite Ec. res_simpl. do 2 eexists. split; [reflexivity|].
  assert (Hls' : forall tl', tl' = set_list tl (0 + length L1) l' \/ tl' = call (set_list tl (0 + length L1) l') (SlotCompleted (index l')) ->
    lists tl' = L1 ++ with_blocks l' (pre ++ b' :: post) :: L2).
  { intros tl' [->| ->]; cbn [call set_list TransferList.with_lists lists Nat.add]; by rewrite El, insert_middle, <- El'. }
  rewrite Hls' by (destruct r; auto).
  assert (Hp' : pieces_ok n h' (L1 ++ with_blocks l' (pre ++ b' :: post) :: L2)).
  { apply (replace_pieces n h h' L1 L2 l l' pre post b b'); try done; [|by rewrite Efin, Ebs'].
    intros j. unfold members. rewrite EQ, !elem_of_app. intros [Hx|Hx]; [by apply elem_of_nil in Hx|]. right. by apply HT. }
  split; [done|]. destruct (held_nodup _ _ _ _ Hrl) as [Hn _]. destruct Hrl as [Hbk _ Hwt _]. split; try done.
  cbn [with_transfer m_queues]. eapply Forall_impl; [exact Hwt|]. intros j Hj. rewrite El in Hj.
  by apply (finished_waits n p h h' L1 L2 l l' pre post b b' j).
Qed.

(** ** A transfer with other data *)

Lemma pieces_frame n h h' ls : pieces_ok n h ls -> heap_ok h' -> (forall j, j ∈ all_members ls -> transfers h' !! j = transfers h !! j) ->
  pieces_ok n h' ls.
Proof.
  intros [Hok Hl Hi Hm] Hok' Hfr. split; try done. apply Forall_forall. intros l Hin. rewrite Forall_forall in Hl.
  destruct (Hl l Hin) as [Hli Hlb Hlf Hlw]. split; try done. intros i b Hib. destruct (Hlb i b Hib) as [Hw Hs]. split; [|done].
  apply (wf_frame h); [done|]. intros j Hj. apply Hfr, elem_of_flat. exists l, b. split_and!; try done. by eapply list_elem_of_lookup_2.
Qed.

(** The current transfer follows the leader of its block, and there is room
    for one more transfer. *)
Definition may_differ (h : Heap) (rl : RequestList) : Prop :=
  Z.of_nat (base.size (transfers h)) < 2 ^ 32 - 1 /\
  exists k t, m_transfer rl = Some k /\ transfers h !! k = Some t /\ m_block t <> None /\ m_state t = STATE_NOT_LEADER /\
    0 <= m_stall t < 2 ^ 32 - 1.

(** The transfer stays in its block, marked, and a stand-in takes its place as
    the current transfer.  The block counts it as stalled, so the state is a
    valid one up to the stall count of a transfer that had not stalled. *)
Record set_apart (n : Z) (p : nat) (k : nat) (h : Heap) (tl : TransferList) (rl : RequestList) (h' : Heap) (tl' : TransferList) (rl' : RequestList) : Prop := {
  sa_pieces : exists t t', transfers h !! k = Some t /\ transfers h' !! k = Some t' /\ m_state t' = STATE_ERASED /\ m_block t' = None /\
    m_stall t' = m_stall t /\ pieces_ok n (put h' k (counted_stall t')) (lists tl');
  sa_list : rl_ok p h' (lists tl') rl' /\ m_queues rl' = m_queues rl;
  sa_dummy : exists d t, m_transfer rl' = Some d /\ transfers h !! d = None /\ transfers h' !! d = Some t /\ m_block t = None
}.

Lemma request_dissimilar_ok n p h tl rl k : pieces_ok n h (lists tl) -> rl_ok p h (lists tl) rl -> may_differ h rl -> m_transfer rl = Some k ->
  exists h' tl' rl', transfer_dissimilar (h, tl) p rl = Ok (h', tl', rl') /\ set_apart n p k h tl rl h' tl' rl'.
Proof.
  intros Hp Hrl (Hsz & k' & t & Ek & Ht & Hb & Hst & Hstall) Ek'. rewrite Ek in Ek'. injection Ek' as ->.
  destruct (finished_place n p h tl rl k t Hp Hrl Ek Ht Hb) as (L1 & l & L2 & pre & b & post & El & Eb & Es & Hw & Ei & HkT & HkQ & _).
  unfold transfer_dissimilar. rewrite Ek. cbn [fst snd]. assert (get h k = Ok t) as -> by (unfold get; by rewrite Ht). res_simpl.
  destruct (dummy_ok n p h (lists tl) (BlockTransfer.m_piece t) Hp Hsz) as (d & h1 & td & -> & Hp1 & Hd & Eh1 & _ & Ebd & Hrun & Hkeep). res_simpl.
  assert (get h1 d = Ok td) as -> by (unfold get; by rewrite Eh1, lookup_insert_eq). res_simpl. rewrite Eb. res_simpl.
  assert (Hdk : d <> k) by (intros ->; congruence).
  set (h2 := put h1 d _). set (td' := set_position td (m_position t)) in h2.
  assert (Hok2 : heap_ok h2) by (apply (put_same_peer h1 d td); [apply Hp1|by rewrite Eh1, lookup_insert_eq|done]).
  assert (Hdm : d ∉ all_members (lists tl)) by (intros Hx; apply (all_members_known n h _ d (po_lists _ _ _ Hp)) in Hx as [? Hx]; congruence).
  assert (Hfr : forall j, j <> d -> transfers h2 !! j = transfers h !! j) by (intros j Hj; cbn; by rewrite lookup_insert_ne, Eh1, lookup_insert_ne).
  assert (Hp2 : pieces_ok n h2 (lists tl)) by (apply (pieces_frame n h); [done|done|]; intros j Hj; apply Hfr; by intros ->).
  pose proof Hp2 as Hp2'. rewrite El in Hp2'. destruct (block_known n h2 L1 L2 l pre post b Hp2') as [Hw2 _].
  assert (Ht2 : transfers h2 !! k = Some t) by (by rewrite Hfr).
  assert (Hkm : k ∈ members b) by (apply elem_of_app; by right).
  destruct (dissimilar_step h2 b k t (conj Hok2 Hw2) Ht2 Hkm Hst Hb Hstall) as (b' & E & Hstep & EQ & ET).
  rewrite (with_block_ok n h2 tl L1 l L2 pre b post _ tt (put h2 k (dissimilar_transfer t)) b') by (rewrite ?E; done). res_simpl.
  do 3 eexists. split; [reflexivity|]. cbn [TransferList.with_lists lists].
  pose proof (step_pieces n k h2 _ L1 L2 l pre post b b' Hp2' Hstep) as Hp3.
  assert (Hmem : forall j, j ∈ all_members (L1 ++ with_blocks l (pre ++ b' :: post) :: L2) <-> j ∈ all_members (lists tl)).
  { intros j. rewrite El, in_members, in_members'. unfold members. by rewrite EQ, ET. }
  assert (Hque : forall j, j ∈ all_queued (L1 ++ with_blocks l (pre ++ b' :: post) :: L2) <-> j ∈ all_queued (lists tl)).
  { intros j. by rewrite El, in_queued, in_queued', EQ. }
  split.
  - exists t, (dissimilar_transfer t). split; [done|]. split; [by cbn; rewrite lookup_insert_eq|]. split_and!; try done.
    unfold put at 1, with_transfers. cbn. rewrite insert_insert_eq. exact Hp3.
  - split; [|done]. pose proof Hrl as [Hbk _ Hwt _]. destruct (held_nodup _ _ _ _ Hrl) as [Hn Hcur]. specialize (Hcur k Ek).
    rewrite Forall_forall in Hwt. apply (rl_replace _ _ _ _ (m_queues rl) d); try done.
    + apply Forall_forall. intros j Hj. destruct (Hwt j Hj) as (u & Hu & Hpu & Hc). exists u.
      assert (Hjk : j <> k) by (by intros ->). assert (Hjd : j <> d) by (intros ->; congruence).
      split; [cbn [put with_transfers transfers]; by rewrite lookup_insert_ne, Hfr|]. split; [done|]. by rewrite Hmem, Hque.
    + intros Hx. destruct (Hwt d Hx) as (u & Hu & _). congruence.
    + destruct Hrun as (u & Hu & Hpu & _). exists td'. assert (transfers (put h2 k (dissimilar_transfer t)) !! d = Some td').
      { cbn. rewrite lookup_insert_ne by congruence. by rewrite lookup_insert_eq. }
      split; [done|]. rewrite Eh1, lookup_insert_eq in Hu. injection Hu as <-. split; [done|]. left. split; [done|]. by rewrite Hmem.
  - exists d, td'. split; [done|]. split; [done|]. split; [|done]. cbn. rewrite lookup_insert_ne by congruence. by rewrite lookup_insert_eq.
Qed.

(** What is left after a piece of the wrong length can be cleared: the
    connection is closed then. *)
Lemma clear_thrown n p h tl rl k : pieces_ok n h (lists tl) -> rl_ok p h (lists tl) (with_transfer rl None) -> m_transfer rl = Some k ->
  waits p h (lists tl) k -> k ∉ concat (m_queues rl) ->
  exists h' tl' rl', clear (h, tl) rl = Ok (h', tl', rl') /\ pieces_ok n h' (lists tl') /\ rl_ok p h' (lists tl') rl' /\ m_transfer rl' = None.
Proof.
  intros Hp Hrl Ek Hw Hn. destruct (release_waits n p h tl k Hp Hw) as (h1 & tl1 & E1 & [Hp1 _ _ Hw1] & _ & _).
  assert (Hrl1 : rl_ok p h1 (lists tl1) (with_transfer rl None)).
  { pose proof Hrl as [Hbk Hnd Hwt _]. split; try done. cbn [with_transfer m_queues] in *. rewrite Forall_forall in Hwt. apply Forall_forall.
    intros j Hj. apply Hw1; [|by apply Hwt]. by intros ->. }
  assert (E : clear (h, tl) rl = clear (h1, tl1) (with_transfer rl None)).
  { unfold clear, is_downloading, skipped. rewrite Ek, E1. done. }
  rewrite E. by apply clear_ok.
Qed.

(** ** New requests *)

Lemma queue_transfers_ok h ks : forall (q : list (list nat)), (bucket_queued < length q)%nat ->
  Forall (fun k => is_Some (transfers h !! k)) ks ->
  exists q' pieces, queue_transfers h q (Some <$> ks) = Ok (q', pieces) /\ length q' = length q /\ concat q' ≡ₚ concat q ++ ks /\
    length pieces = length ks.
Proof.
  induction ks as [|k ks IH]; intros q Hq Hl; cbn [queue_transfers fmap list_fmap].
  { do 2 eexists. split; [reflexivity|]. rewrite app_nil_r. by split_and!. }
  apply Forall_cons in Hl as [[t Ht] Hl]. res_simpl. unfold push_back. destruct (queue_at_ok q bucket_queued Hq) as (l & -> & El). res_simpl.
  unfold get. rewrite Ht. res_simpl. set (q1 := set_queue q bucket_queued (l ++ [k])).
  assert (Hl1 : length q1 = length q) by (unfold q1, set_queue; by rewrite length_insert).
  assert (Hc1 : concat q1 ≡ₚ concat q ++ [k]).
  { pose proof (concat_set q bucket_queued l (l ++ [k]) El) as E. fold q1 in E. rewrite (Permutation_app_comm l [k]), app_assoc in E.
    by apply Permutation_app_inv_r in E. }
  destruct (IH q1) as (q' & pieces & E & H1 & H2 & H3); [by rewrite Hl1|done|]. fold q1. rewrite E. res_simpl.
  do 2 eexists. split; [reflexivity|]. split; [congruence|]. split; [|simpl; lia]. rewrite H2, Hc1. by rewrite <- app_assoc.
Qed.

Lemma delegate_keeps {S : Type} `{HS : ChunkSource S} n src_inv `{!ChunkSourceOk S n src_inv} chunk_size now p aggressive
    h tl (s : S) pc rl maxPieces :
  (forall i, 0 <= i < n -> 0 < chunk_size i /\ chunk_size i + block_size <= 2 ^ 32) ->
  0 <= maxPieces -> Z.of_nat (base.size (transfers h)) + maxPieces < 2 ^ 32 ->
  Bitfield.ready n (m_bitfield pc) -> pieces_ok n h (lists tl) -> src_inv s pc (index <$> lists tl) -> rl_ok p h (lists tl) rl ->
  exists pieces h' tl' s' pc' rl', RequestList.delegate chunk_size now p aggressive (h, tl) s pc rl maxPieces =
      Ok (pieces, (h', tl'), s', pc', rl') /\
    pieces_ok n h' (lists tl') /\ rl_ok p h' (lists tl') rl'.
Proof.
  intros Hsz Hmax Hroom Hbf Hp Hs Hrl. unfold RequestList.delegate. cbn [fst snd].
  destruct (delegate_ok n src_inv chunk_size now p maxPieces (m_affinity rl) (m_bitfield pc) h (lists tl) Hsz Hroom Hbf
    aggressive tl s pc eq_refl Hmax Hp Hs eq_refl) as (w & ks & -> & [Hd Hf _ _]). res_simpl. rewrite Hf.
  destruct Hd as [Hpo _ Hq Hmem Hn Hfr Hg Hframe _ _]. rewrite Forall_forall in Hfr, Hg.
  assert (Hlive : forall j, is_Some (transfers h !! j) -> j ∉ ks).
  { intros j [x Hx] Hj. rewrite (Hfr j Hj) in Hx. done. }
  set (ls' := lists (transfer_list w)) in *.
  assert (Hplace : forall t j, j ∉ ks -> (m_block t = None /\ j ∉ all_members (lists tl)) -> m_block t = None /\ j ∉ all_members ls').
  { intros t j Hj [Hb Hno]. split; [done|]. rewrite Hmem, elem_of_app. tauto. }
  assert (Hw : forall j, waits p h (lists tl) j -> waits p (heap w) ls' j).
  { intros j (t & Ht & Hpt & Hc). assert (Hj : j ∉ ks) by (apply Hlive; by eexists). exists t. rewrite Hframe by done. split_and!; try done.
    destruct Hc as [Hc|Hc]; [left; by apply Hplace|right]. rewrite Hq. apply elem_of_app. by left. }
  assert (Hr : forall j, runs p h (lists tl) j -> runs p (heap w) ls' j).
  { intros j (t & Ht & Hpt & Hc). assert (Hj : j ∉ ks) by (apply Hlive; by eexists). exists t. rewrite Hframe by done. split_and!; try done.
    destruct Hc as [Hc|(Hb & Hin & HQ)]; [left; by apply Hplace|right]. rewrite Hmem, Hq, !elem_of_app. tauto. }
  assert (Hnew : Forall (waits p (heap w) ls') ks).
  { apply Forall_forall. intros k Hk. destruct (Hg k Hk) as (t & a & Ht & Hpt & _). exists t. split_and!; try done.
    right. rewrite Hq. apply elem_of_app. by right. }
  destruct Hrl as [Hb Hnd Hwq Hrr].
  assert (Hold : Forall (waits p (heap w) ls') (concat (m_queues rl))) by (eapply Forall_impl; [exact Hwq|]; auto).
  destruct (decide (ks = [])) as [->|Hne]; [do 6 eexists; split; [reflexivity|]; split; [done|]; split; auto|].
  destruct (Some <$> ks) as [|o os] eqn:Eo; [by apply fmap_nil_inv in Eo|]. rewrite <- Eo. clear o os Eo Hf.
  assert (Hk : Forall (fun k => is_Some (transfers (heap w) !! k)) ks).
  { eapply Forall_impl; [exact Hnew|]. intros k (t & -> & _). by eexists. }
  destruct (queue_transfers_ok (heap w) ks (m_queues rl)) as (q & pieces & -> & Hlen & Hper & _); [rewrite Hb; bucket|done|].
  res_simpl. destruct (proj2 (last_is_Some ks) Hne) as [k El]. rewrite fmap_last, El. cbn. res_simpl.
  assert (Hkin : k ∈ ks) by (apply last_Some in El as [l' ->]; apply elem_of_app; right; by apply list_elem_of_singleton).
  rewrite Forall_forall in Hk. destruct (Hk k Hkin) as [t Ht]. unfold get. rewrite Ht. res_simpl.
  do 6 eexists. split; [reflexivity|]. split; [done|]. split; cbn [with_affinity with_queues m_queues m_transfer]; [congruence| | |auto].
  - unfold held in *. cbn [with_affinity with_queues m_queues m_transfer]. rewrite Hper, app_assoc. apply NoDup_app. split; [done|]. split; [|done].
    intros j Hj. apply Hlive. apply elem_of_app in Hj as [Hj|Hj].
    + destruct (m_transfer rl) as [x|] eqn:Ex; [|by apply elem_of_nil in Hj]. apply list_elem_of_singleton in Hj as ->.
      destruct (Hrr x eq_refl) as (u & -> & _). by eexists.
    + rewrite Forall_forall in Hwq. destruct (Hwq j Hj) as (u & -> & _). by eexists.
  - rewrite Hper. by apply Forall_app.
Qed.

(** ** All calls *)

Section Calls.
Context {S : Type} `{HS : ChunkSource S} (n : Z) (src_inv : S -> PeerChunks -> list Z -> Prop) `{!ChunkSourceOk S n src_inv}.
Context (chunk_size : Z -> Z) (now : Z) (p : nat).

Inductive op :=
  | OpDelegate (aggressive : bool) (s : S) (pc : PeerChunks) (maxPieces : Z)
  | OpStallInitial
  | OpStallProlonged
  | OpChoked
  | OpUnchoked
  | OpRemoveChoked
  | OpProcessUnordered
  | OpDownloading (piece : Piece.Piece)
  | OpFinished
  | OpSkipped
  | OpDissimilar
  | OpClear.

(** Of the calls only [downloading] may end with an exception. *)
Definition returns (r : res (World * RequestList)) : res (option exn * World * RequestList) := '(w, rl) ← r; Ok (None, w, rl).

Definition apply (o : op) (w : World) (rl : RequestList) : res (option exn * World * RequestList) :=
  match o with
  | OpDelegate aggressive s pc maxPieces =>
      '(_, w, _, _, rl) ← RequestList.delegate chunk_size now p aggressive w s pc rl maxPieces; Ok (None, w, rl)
  | OpStallInitial => returns (stall_initial w rl)
  | OpStallProlonged => returns (stall_prolonged w rl)
  | OpChoked => rl ← choked now rl; Ok (None, w, rl)
  | OpUnchoked => rl ← unchoked now rl; Ok (None, w, rl)
  | OpRemoveChoked => returns (delay_remove_choked w rl)
  | OpProcessUnordered => returns (delay_process_unordered now w rl)
  | OpDownloading piece => '(r, w, rl) ← downloading now w p rl piece; Ok (match r with Returned _ => None | Thrown e => Some e end, w, rl)
  | OpFinished => returns (finished w rl)
  | OpSkipped => returns (skipped w rl)
  | OpDissimilar => returns (transfer_dissimilar w p rl)
  | OpClear => returns (clear w rl)
  end.

(** What the connection guarantees: the order of its calls, and that no
    counter is at its end. *)
Definition op_ok (o : op) (h : Heap) (tl : TransferList) (rl : RequestList) : Prop :=
  match o with
  | OpDelegate _ s pc maxPieces =>
      0 <= maxPieces /\ Z.of_nat (base.size (transfers h)) + maxPieces < 2 ^ 32 /\
      Bitfield.ready n (m_bitfield pc) /\ src_inv s pc (index <$> lists tl)
  | OpStallInitial => Forall (low h) (concat (m_queues rl))
  | OpStallProlonged => Forall (low h) (held rl)
  | OpDownloading _ => m_transfer rl = None /\ Z.of_nat (base.size (transfers h)) < 2 ^ 32 - 1
  | OpFinished => may_finish h rl
  | OpSkipped => m_transfer rl <> None /\ may_skip h rl
  | OpDissimilar => may_differ h rl
  | OpClear => may_skip h rl
  | _ => True
  end.

Lemma stall_prolonged_ok h tl rl : pieces_ok n h (lists tl) -> rl_ok p h (lists tl) rl -> Forall (low h) (held rl) ->
  exists h' tl' rl', stall_prolonged (h, tl) rl = Ok (h', tl', rl') /\ pieces_ok n h' (lists tl') /\ rl_ok p h' (lists tl') rl'.
Proof.
  intros Hp Hrl Hlow. unfold held in Hlow. apply Forall_app in Hlow as [Hlt Hlow]. unfold stall_prolonged.
  destruct (m_transfer rl) as [k|] eqn:Ek; [|res_simpl; by apply stall_queues_ok].
  apply Forall_cons in Hlt as [Hlk _]. destruct (held_nodup _ _ _ _ Hrl) as [_ Ht]. specialize (Ht k Ek).
  destruct (stalled_runs n p h tl k Hp (rl_runs _ _ _ _ Hrl k Ek) Hlk) as (h1 & tl1 & -> & [Hp1 _ _ Hw1] & Hr1). res_simpl.
  destruct Hrl as [Hb Hn Hw _]. rewrite Forall_forall in Hw, Hlow.
  assert (Hne : forall j, j ∈ concat (m_queues rl) -> j <> k) by (by intros j Hj ->).
  apply stall_queues_ok; [done| |].
  - split; try done; [|by intros j Ej; rewrite Ek in Ej; injection Ej as <-]. apply Forall_forall. intros j Hj. apply Hw1; auto.
  - apply Forall_forall. intros j Hj. unfold low. destruct (Hw1 p j (Hne j Hj) (Hw j Hj)) as [_ ->]. by apply Hlow.
Qed.

(** What a call that returns leaves: list and blocks agree, up to the stall
    count of a transfer that was found dissimilar before it had stalled. *)
Definition agree_after (o : op) (h : Heap) (tl : TransferList) (rl : RequestList) (h' : Heap) (tl' : TransferList) (rl' : RequestList) : Prop :=
  match o with
  | OpDissimilar => exists k, m_transfer rl = Some k /\ set_apart n p k h tl rl h' tl' rl'
  | _ => pieces_ok n h' (lists tl') /\ rl_ok p h' (lists tl') rl'
  end.

(** What the exception of [downloading] leaves: the request it was about is
    the current transfer although it was not started, nothing else changed,
    and the list can be cleared. *)
Definition after_throw (e : exn) (h : Heap) (tl : TransferList) (rl : RequestList) (h' : Heap) (tl' : TransferList) (rl' : RequestList) : Prop :=
  e = communication_error /\ h' = h /\ tl' = tl /\
  (exists k, m_transfer rl' = Some k /\ concat (m_queues rl) ≡ₚ k :: concat (m_queues rl')) /\
  exists h2 tl2 rl2, clear (h', tl') rl' = Ok (h2, tl2, rl2) /\ pieces_ok n h2 (lists tl2) /\ rl_ok p h2 (lists tl2) rl2 /\ m_transfer rl2 = None.

Lemma returns_ok o h tl rl r : (exists h' tl' rl', r = Ok ((h', tl'), rl') /\ agree_after o h tl rl h' tl' rl') ->
  exists e h' tl' rl', returns r = Ok (e, (h', tl'), rl') /\
    match e with None => agree_after o h tl rl h' tl' rl' | Some e => (exists piece, o = OpDownloading piece) /\ after_throw e h tl rl h' tl' rl' end.
Proof. intros (h' & tl' & rl' & -> & H). by exists None, h', tl', rl'. Qed.

(** C3: every call of a connection on its request list ends, and list and
    blocks agree afterwards: each request is held once, those in the queues
    wait in a block of a piece in progress or were let go by it, the current
    transfer has been started, all of them are live transfers of the peer, and
    the invariants of all blocks, of the pieces' counts of finished blocks and
    of all peers' transfer counters hold.  Only [downloading] may throw, a
    communication error when the piece has a wrong length other than zero; what
    is left then can be cleared.  [transfer_dissimilar] keeps everything but
    the stall count of a transfer that had not stalled, and leaves the transfer
    in its block with the peer still on it. *)
Theorem request_list_call_preserves (o : op) (h : Heap) (tl : TransferList) (rl : RequestList) :
  (forall i, 0 <= i < n -> 0 < chunk_size i /\ chunk_size i + block_size <= 2 ^ 32) -> days 365 <= now ->
  pieces_ok n h (lists tl) -> rl_ok p h (lists tl) rl -> op_ok o h tl rl ->
  exists e h' tl' rl', apply o (h, tl) rl = Ok (e, (h', tl'), rl') /\
    match e with
    | None => agree_after o h tl rl h' tl' rl'
    | Some e => (exists piece, o = OpDownloading piece) /\ after_throw e h tl rl h' tl' rl'
    end.
Proof.
  intros Hsz Hnow Hp Hrl Ho. destruct o as [ag s pc m| | | | | | |piece| | | |]; cbn [apply op_ok] in *.
  - destruct Ho as (H1 & H2 & H3 & H4).
    destruct (delegate_keeps n src_inv chunk_size now p ag h tl s pc rl m Hsz H1 H2 H3 Hp H4 Hrl) as (? & h' & tl' & ? & ? & rl' & -> & ? & ?).
    res_simpl. by exists None, h', tl', rl'.
  - by apply returns_ok, stall_queues_ok.
  - by apply returns_ok, stall_prolonged_ok.
  - destruct (choked_ok now p h (lists tl) rl Hnow Hrl) as (rl' & -> & ?). res_simpl. by exists None, h, tl, rl'.
  - destruct (unchoked_ok now p h (lists tl) rl Hnow Hrl) as (rl' & -> & ?). res_simpl. by exists None, h, tl, rl'.
  - apply returns_ok. destruct (clear_queue_ok n p h tl (with_remove_choked rl None) bucket_choked Hp) as (h' & tl' & rl' & E & ? & ? & _);
      [by eapply rl_fields; [| |exact Hrl]|bucket|]. unfold delay_remove_choked. rewrite E. by do 3 eexists.
  - by apply returns_ok, delay_process_unordered_ok.
  - destruct Ho as [H1 H2]. pose proof (downloading_ok n now p h tl rl piece Hnow H2 Hp Hrl H1) as Hout.
    destruct Hout as [d t h' ? ? ? ? ? Hp' Hrl'|k t rl' Hm Ht Hl1 Hl0 Hper Ek Hwk Hrl'|k t d h' tl' rl' ? ? ? ? ? ? ? Hp' Hrl'|k t rl' ? ? ? ? ? ? Hp' Hrl'|k t h' tl' rl' ? ? ? ? ? ? Hp' Hrl'];
      res_simpl; [by exists None, h', tl, (with_transfer rl (Some d))| |by exists None, h', tl', rl'|by exists None, h, tl, rl'|by exists None, h', tl', rl'].
    exists (Some communication_error), h, tl, rl'. split; [done|]. split; [by eexists|]. split_and!; try done; [by exists k|].
    apply (clear_thrown n p h tl rl' k); try done. destruct (held_nodup _ _ _ _ Hrl) as [Hn _]. rewrite Hper in Hn. by apply NoDup_cons in Hn as [? _].
  - apply returns_ok. destruct (request_finished_ok n p h tl rl Hp Hrl Ho) as (h' & tl' & -> & ? & ?). by do 3 eexists.
  - destruct Ho as [H1 H2]. destruct (m_transfer rl) as [k|] eqn:Ek; [|done].
    apply returns_ok. destruct (skipped_ok n p h tl rl k Hp Hrl Ek H2) as (h' & tl' & -> & ? & ?). by do 3 eexists.
  - pose proof Ho as (_ & k & t & Ek & _). apply returns_ok.
    destruct (request_dissimilar_ok n p h tl rl k Hp Hrl Ho Ek) as (h' & tl' & rl' & -> & ?). do 3 eexists. split; [done|]. by exists k.
  - apply returns_ok. destruct (clear_ok n p h tl rl Hp Hrl Ho) as (h' & tl' & rl' & -> & ? & ? & _). by do 3 eexists.
Qed.

End Calls.

(** An incoming piece, when no other is being received.  If no request of
    the list is for its place, or the request is answered with an empty piece,
    an empty stand-in becomes the current transfer and the answer is no.  If
    the length is wrong the call ends with a communication error.  If the
    request is no longer wanted it becomes the current transfer and the answer
    is no; otherwise its block starts it and the answer is yes.  The request
    leaves the queues, and every other stays in one of them. *)
Theorem downloading_answers (n now : Z) (p : nat) (h : Heap) (tl : TransferList) (rl : RequestList) (piece : Piece.Piece) :
  days 365 <= now -> Z.of_nat (base.size (transfers h)) < 2 ^ 32 - 1 ->
  pieces_ok n h (lists tl) -> rl_ok p h (lists tl) rl -> m_transfer rl = None ->
  outcome n p h tl rl piece (downloading now (h, tl) p rl piece).
Proof. apply downloading_ok. Qed.

(** A peer with three requests for the blocks of piece 2. *)
Definition sample_state : World * RequestList :=
  match RequestList.delegate (fun _ => 40000) 0 1 false (empty_heap, no_transfers) sample_source ChunkSelector.ChunkSelector.sample_pc new_request_list 3 with
  | Ok (_, w, _, _, rl) => (w, rl)
  | _ => ((empty_heap, no_transfers), new_request_list)
  end.
Definition sample_heap : Heap := fst (fst sample_state).
Definition sample_list : TransferList := snd (fst sample_state).
Definition sample_requests : RequestList := snd sample_state.

Lemma sample_state_ok : pieces_ok 4 sample_heap (lists sample_list) /\ rl_ok 1 sample_heap (lists sample_list) sample_requests.
Proof.
  destruct (delegate_keeps 4 (selector_inv 4) (fun _ => 40000) 0 1 false empty_heap no_transfers sample_source ChunkSelector.ChunkSelector.sample_pc
    new_request_list 3) as (pieces & h' & tl' & s' & pc' & rl' & E & Hp & Hrl).
  - intros i _. split; [lia|]. vm_compute. discriminate.
  - lia.
  - reflexivity.
  - by apply Bitfield.Bitfield.ready_check_ready.
  - split; [apply sample_block_inv|constructor|apply NoDup_nil_2|apply NoDup_nil_2].
  - split; [lia|]. split; [exact ChunkSelector.ChunkSelector.sample_selector_inv|constructor].
  - split; [done|apply NoDup_nil_2|constructor|done].
  - unfold sample_heap, sample_list, sample_requests, sample_state. rewrite E. cbn [fst snd]. exact (conj Hp Hrl).
Qed.

Lemma downloading_answers_witness :
  exists w rl, downloading (days 400) (sample_heap, sample_list) 1 sample_requests (Piece.mkPiece 2 16384 16384) = Ok (Returned true, w, rl) /\
    outcome 4 1 sample_heap sample_list sample_requests (Piece.mkPiece 2 16384 16384) (Ok (Returned true, w, rl)) /\
    m_queues rl = [[2%nat]; [0%nat]; []; []].
Proof.
  pose proof (downloading_answers 4 (days 400) 1 sample_heap sample_list sample_requests (Piece.mkPiece 2 16384 16384)) as H.
  specialize (H ltac:(vm_compute; discriminate) ltac:(vm_compute; reflexivity) (proj1 sample_state_ok) (proj2 sample_state_ok)
    ltac:(vm_compute; reflexivity)).
  destruct (downloading (days 400) (sample_heap, sample_list) 1 sample_requests (Piece.mkPiece 2 16384 16384)) as [[[r w] rl]|e|] eqn:E;
    vm_compute in E; [|discriminate E|discriminate E].
  injection E as <- Ew Erl. exists w, rl. split; [reflexivity|]. split; [exact H|]. rewrite <- Erl. reflexivity.
Defined.

Lemma request_list_call_preserves_witness :
  exists h' tl' rl', apply (fun _ => 40000) (days 400) 1 (OpDownloading (Piece.mkPiece 2 0 16384)) (sample_heap, sample_list) sample_requests = Ok (None, (h', tl'), rl') /\
    pieces_ok 4 h' (lists tl') /\ rl_ok 1 h' (lists tl') rl'.
Proof.
  destruct (request_list_call_preserves 4 (selector_inv 4) (fun _ => 40000) (days 400) 1 (OpDownloading (Piece.mkPiece 2 0 16384))
    sample_heap sample_list sample_requests) as (e & h' & tl' & rl' & E & H).
  - intros i _. split; [lia|]. vm_compute. discriminate.
  - vm_compute. discriminate.
  - apply sample_state_ok.
  - apply sample_state_ok.
  - split; [reflexivity|]. vm_compute. reflexivity.
  - exists h', tl', rl'. destruct e as [e|]; [vm_compute in E; discriminate E|]. split; [exact E|exact H].
Defined.

End RequestList.
