(* ===== verification/SocketAddress.v ===== *)
(** * Socket addresses (src/torrent/net/socket_address.cc, socket_address_key.h,
      src/net/address_list.cc)

    Module [SocketAddress]: IPv4 and IPv6 addresses, their classification,
    construction, comparison and conversion to and from the v4-mapped form.
    Module [SocketAddressKey]: the key of a peer's address.  Module
    [AddressList]: the lists of peers of tracker and DHT replies, in their
    three encodings.

    The members in network order are kept as the host reads them, so the byte
    order of the host is a parameter of everything that swaps bytes.  A
    pointer that the code dereferences without a check is the object it points
    to; one that the code compares with null is an [option]. *)

From S2P Require Import Prelude Object Bencode ProtocolBase.

(** ** The byte order of the host *)

Class ByteOrder := little_endian : bool.

Section byte_order.
Context `{ByteOrder}.

(** The integer the host reads from memory, and the bytes it writes. *)
Definition load_int (l : bytes) : Z := ProtocolBuffer.be_combine (if little_endian then rev l else l).
Definition store_int (k : nat) (v : Z) : bytes :=
  if little_endian then rev (ProtocolBuffer.be k v) else ProtocolBuffer.be k v.

Definition htonl (v : Z) : Z := load_int (ProtocolBuffer.be 4 v).
Definition ntohl (v : Z) : Z := ProtocolBuffer.be_combine (store_int 4 v).
Definition htons (v : Z) : Z := load_int (ProtocolBuffer.be 2 v).
Definition ntohs (v : Z) : Z := ProtocolBuffer.be_combine (store_int 2 v).
End byte_order.

Lemma be_combine_app l k :
  ProtocolBuffer.be_combine (l ++ k) =
  ProtocolBuffer.be_combine l * 256 ^ zlen k + ProtocolBuffer.be_combine k.
Proof.
  unfold ProtocolBuffer.be_combine. rewrite foldl_app.
  generalize (foldl (fun a c => a * 256 + c) 0 l). intros a. unfold zlen.
  revert a. induction k as [|c k IH] using rev_ind; intros a; [simpl; lia|].
  rewrite !foldl_app, length_app. cbn [foldl length]. rewrite IH, Nat2Z.inj_add.
  rewrite Z.pow_add_r by lia. change (256 ^ Z.of_nat 1) with 256. lia.
Qed.

Lemma be_combine_range l : Forall is_u8 l -> 0 <= ProtocolBuffer.be_combine l < 256 ^ zlen l.
Proof.
  induction l as [|c l IH] using rev_ind; intros Hl; [done|].
  apply Forall_app in Hl as [Hl Hc]. specialize (IH Hl). apply Forall_cons in Hc as [Hc _].
  rewrite be_combine_app. unfold zlen in *. rewrite length_app, Nat2Z.inj_add.
  rewrite Z.pow_add_r by lia. change (256 ^ Z.of_nat (length [c])) with 256.
  assert (Hcc : ProtocolBuffer.be_combine [c] = c) by done. rewrite Hcc. unfold is_u8 in Hc.
  change (2 ^ 8) with 256 in Hc. lia.
Qed.

Lemma be_combine_inj l k : Forall is_u8 l -> Forall is_u8 k -> length l = length k ->
  ProtocolBuffer.be_combine l = ProtocolBuffer.be_combine k -> l = k.
Proof.
  revert k. induction l as [|c l IH] using rev_ind; intros k Hl Hk Hn He.
  { by destruct k. }
  destruct k as [|d k _] using rev_ind; [rewrite length_app in Hn; simpl in Hn; lia|].
  apply Forall_app in Hl as [Hl Hc], Hk as [Hk Hd].
  apply Forall_cons in Hc as [Hc _], Hd as [Hd _]. rewrite !length_app in Hn. simpl in Hn.
  rewrite !be_combine_app in He. change (256 ^ zlen [c]) with 256 in He.
  change (256 ^ zlen [d]) with 256 in He. unfold is_u8 in Hc, Hd.
  change (ProtocolBuffer.be_combine [c]) with c in He.
  change (ProtocolBuffer.be_combine [d]) with d in He.
  assert (c = d) as -> by lia. f_equal. apply IH; [done..|lia|lia].
Qed.

Lemma be_bytes k v : Forall is_u8 (ProtocolBuffer.be k v).
Proof.
  unfold ProtocolBuffer.be.
  cut (forall acc, Forall is_u8 acc -> Forall is_u8 (ProtocolBuffer.int_loop k v acc)); [auto|].
  revert v. induction k as [|k IH]; intros v acc Ha; simpl; [done|].
  apply IH. constructor; [apply u8_range|done].
Qed.

Lemma be_be_combine l : Forall is_u8 l -> ProtocolBuffer.be (length l) (ProtocolBuffer.be_combine l) = l.
Proof.
  intros Hl. apply be_combine_inj; [apply be_bytes|done|apply ProtocolBuffer.be_length|].
  apply ProtocolBuffer.be_combine_be. by apply be_combine_range.
Qed.

Section byte_order_facts.
Context `{ByteOrder}.

Lemma load_store k v : 0 <= v < 256 ^ Z.of_nat k -> load_int (store_int k v) = v.
Proof.
  intros Hv. unfold load_int, store_int. destruct little_endian.
  - rewrite rev_involutive. by apply ProtocolBuffer.be_combine_be.
  - by apply ProtocolBuffer.be_combine_be.
Qed.

Lemma store_load l : Forall is_u8 l -> store_int (length l) (load_int l) = l.
Proof.
  intros Hl. unfold load_int, store_int. destruct little_endian; [|by apply be_be_combine].
  rewrite <- length_rev. rewrite be_be_combine, rev_involutive; [done|].
  by apply Forall_rev.
Qed.

Lemma store_length k v : length (store_int k v) = k.
Proof. unfold store_int. case_match; rewrite ?length_rev; apply ProtocolBuffer.be_length. Qed.

Lemma store_bytes k v : Forall is_u8 (store_int k v).
Proof. unfold store_int. case_match; [apply Forall_rev|]; apply be_bytes. Qed.

Lemma load_range l : Forall is_u8 l -> 0 <= load_int l < 256 ^ zlen l.
Proof.
  intros Hl. unfold load_int. case_match; [|by apply be_combine_range].
  unfold zlen. rewrite <- length_rev. apply be_combine_range. by apply Forall_rev.
Qed.

Lemma ntohl_htonl v : is_u32 v -> ntohl (htonl v) = v.
Proof.
  intros Hv. unfold ntohl, htonl. rewrite <- (ProtocolBuffer.be_length 4 v) at 1.
  rewrite store_load by apply be_bytes. by apply ProtocolBuffer.be_combine_be.
Qed.

Lemma ntohs_htons v : 0 <= v < 2 ^ 16 -> ntohs (htons v) = v.
Proof.
  intros Hv. unfold ntohs, htons. rewrite <- (ProtocolBuffer.be_length 2 v) at 1.
  rewrite store_load by apply be_bytes. by apply ProtocolBuffer.be_combine_be.
Qed.

Lemma htonl_ntohl v : is_u32 v -> htonl (ntohl v) = v.
Proof.
  intros Hv. unfold ntohl, htonl. rewrite <- (store_length 4 v) at 1.
  rewrite be_be_combine by apply store_bytes. by apply load_store.
Qed.

Lemma htons_ntohs v : 0 <= v < 2 ^ 16 -> htons (ntohs v) = v.
Proof.
  intros Hv. unfold ntohs, htons. rewrite <- (store_length 2 v) at 1.
  rewrite be_be_combine by apply store_bytes. by apply load_store.
Qed.

Lemma ntohl_range v : is_u32 (ntohl v).
Proof.
  unfold ntohl, is_u32. pose proof (be_combine_range _ (store_bytes 4 v)) as Hr.
  unfold zlen in Hr. rewrite store_length in Hr. exact Hr.
Qed.

Lemma htonl_range v : is_u32 (htonl v).
Proof.
  unfold htonl, is_u32. pose proof (load_range _ (be_bytes 4 v)) as Hr.
  unfold zlen in Hr. rewrite ProtocolBuffer.be_length in Hr. exact Hr.
Qed.

Lemma htons_range v : 0 <= htons v < 2 ^ 16.
Proof.
  unfold htons. pose proof (load_range _ (be_bytes 2 v)) as Hr.
  unfold zlen in Hr. rewrite ProtocolBuffer.be_length in Hr. exact Hr.
Qed.

Lemma store_htonl v : store_int 4 (htonl v) = ProtocolBuffer.be 4 v.
Proof.
  unfold htonl. rewrite <- (ProtocolBuffer.be_length 4 v) at 1. apply store_load, be_bytes.
Qed.
End byte_order_facts.

#[global] Arguments htonl : simpl never.
#[global] Arguments ntohl : simpl never.
#[global] Arguments htons : simpl never.
#[global] Arguments ntohs : simpl never.

Module SocketAddress.

(** [sockaddr_in] and [sockaddr_in6] without the family, which is the
    constructor of [sockaddr]. *)
Record sockaddr_in := mkSin { sin_addr : Z; sin_port : Z }.
Record sockaddr_in6 := mkSin6 {
  sin6_addr : bytes;
  sin6_port : Z;
  sin6_flowinfo : Z;
  sin6_scope_id : Z
}.

(** What a [const sockaddr*] points to, by [sa_family]; [AF_OTHER] stands for
    every family the library does not know. *)
Inductive sockaddr :=
  | AF_UNSPEC
  | AF_INET (sin : sockaddr_in)
  | AF_INET6 (sin6 : sockaddr_in6)
  | AF_UNIX (sun_path : bytes)
  | AF_OTHER (family : Z).

#[global] Instance sockaddr_in_eq_dec : EqDecision sockaddr_in.
Proof. solve_decision. Defined.
#[global] Instance sockaddr_in6_eq_dec : EqDecision sockaddr_in6.
Proof. solve_decision. Defined.
#[global] Instance sockaddr_eq_dec : EqDecision sockaddr.
Proof. solve_decision. Defined.

Definition in6addr_any : bytes := replicate 16 0.
Definition INADDR_ANY : Z := 0.
Definition INADDR_BROADCAST : Z := 2 ^ 32 - 1.

(** [IN6_IS_ADDR_LOOPBACK], [IN6_IS_ADDR_V4MAPPED] and
    [IN6_IS_ADDR_UNSPECIFIED] of <netinet/in.h>. *)
Definition IN6_IS_ADDR_LOOPBACK (a : bytes) : bool := str_eqb a (replicate 15 0 ++ [1]).
Definition IN6_IS_ADDR_V4MAPPED (a : bytes) : bool :=
  str_eqb (take 12 a) (replicate 10 0 ++ [255; 255]).
Definition IN6_IS_ADDR_UNSPECIFIED (a : bytes) : bool := str_eqb a in6addr_any.

Definition addr_byte (a : bytes) (i : nat) : Z := nth i a 0.

(** The sum is of [int]s; a first byte of 128 or more shifts into the sign bit
    and the conversion to [uint32_t] gives the same 32 bits. *)
Definition sin6_addr32_index (sa : sockaddr_in6) (index : nat) : Z :=
  let a := sin6_addr sa in
  u32 (Z.shiftl (addr_byte a (index * 4 + 0)) 24 + Z.shiftl (addr_byte a (index * 4 + 1)) 16 +
       Z.shiftl (addr_byte a (index * 4 + 2)) 8 + Z.shiftl (addr_byte a (index * 4 + 3)) 0).

Definition sa_family (sa : sockaddr) : Z :=
  match sa with
  | AF_UNSPEC => 0
  | AF_UNIX _ => 1
  | AF_INET _ => 2
  | AF_INET6 _ => 10
  | AF_OTHER f => f
  end.

Definition sa_is_unspec (sa : option sockaddr) : bool :=
  match sa with Some AF_UNSPEC => true | _ => false end.
Definition sa_is_inet (sa : option sockaddr) : bool :=
  match sa with Some (AF_INET _) => true | _ => false end.
Definition sa_is_inet6 (sa : option sockaddr) : bool :=
  match sa with Some (AF_INET6 _) => true | _ => false end.
Definition sa_is_inet_inet6 (sa : option sockaddr) : bool :=
  match sa with Some (AF_INET _) | Some (AF_INET6 _) => true | _ => false end.

Definition sin6_is_v4mapped (sa : option sockaddr_in6) : bool :=
  match sa with Some s => IN6_IS_ADDR_V4MAPPED (sin6_addr s) | None => false end.
Definition sa_is_v4mapped (sa : option sockaddr) : bool :=
  match sa with Some (AF_INET6 s) => sin6_is_v4mapped (Some s) | _ => false end.

Definition sin6_is_any (sa : sockaddr_in6) : bool := str_eqb (sin6_addr sa) in6addr_any.
Definition sin6_is_loopback (sa : sockaddr_in6) : bool := IN6_IS_ADDR_LOOPBACK (sin6_addr sa).

(** [sizeof] of the three structures. *)
Definition sa_length (sa : sockaddr) : res Z :=
  match sa with
  | AF_UNSPEC => Ok 16
  | AF_INET _ => Ok 16
  | AF_INET6 _ => Ok 28
  | _ => Throw internal_error
  end.

(** [sa_free] deletes the object as the type its family says. *)
Definition sa_free (sa : option sockaddr) : res unit :=
  match sa with
  | Some (AF_OTHER _) => Throw internal_error
  | _ => Ok tt
  end.

(** ** Construction and copies *)

Definition sin_make : sockaddr_in := mkSin 0 0.
Definition sin_make_n (addr port : Z) : sockaddr_in := mkSin addr port.
Definition sin6_make : sockaddr_in6 := mkSin6 (replicate 16 0) 0 0 0.
Definition sin6_make_any : sockaddr_in6 := mkSin6 in6addr_any 0 0 0.

Definition sa_make_unspec : sockaddr := AF_UNSPEC.
Definition sa_make_inet : sockaddr := AF_INET sin_make.
Definition sa_make_inet_n (addr port : Z) : sockaddr := AF_INET (sin_make_n addr port).
Definition sa_make_inet6 : sockaddr := AF_INET6 sin6_make.
Definition sa_make_inet6_any : sockaddr := AF_INET6 sin6_make_any.
Definition sa_make_unix (pathname : bytes) : res sockaddr :=
  match pathname with [] => Ok (AF_UNIX []) | _ => Throw internal_error end.

Definition sin_copy (sa : sockaddr_in) : sockaddr_in := sa.
Definition sin6_copy (sa : sockaddr_in6) : sockaddr_in6 := sa.
Definition sa_copy_in (sa : sockaddr_in) : sockaddr := AF_INET sa.
Definition sa_copy_in6 (sa : sockaddr_in6) : sockaddr := AF_INET6 sa.
Definition sa_from_in (sinp : sockaddr_in) : sockaddr := AF_INET sinp.
Definition sa_from_in6 (sin6p : sockaddr_in6) : sockaddr := AF_INET6 sin6p.

Definition sa_copy (sa : option sockaddr) : res sockaddr :=
  match sa with
  | None => Throw internal_error
  | Some (AF_INET s) => Ok (sa_copy_in s)
  | Some (AF_INET6 s) => Ok (sa_copy_in6 s)
  | Some AF_UNSPEC => Ok sa_make_unspec
  | Some _ => Throw internal_error
  end.

Definition sin_from_sa (sap : option sockaddr) : res sockaddr_in :=
  match sap with Some (AF_INET s) => Ok s | _ => Throw internal_error end.
Definition sin6_from_sa (sap : option sockaddr) : res sockaddr_in6 :=
  match sap with Some (AF_INET6 s) => Ok s | _ => Throw internal_error end.
Definition sin_from_c_sa (sap : option sockaddr) : res sockaddr_in :=
  match sap with Some (AF_INET s) => Ok s | _ => Throw internal_error end.
Definition sin6_from_c_sa (sap : option sockaddr) : res sockaddr_in6 :=
  match sap with Some (AF_INET6 s) => Ok s | _ => Throw internal_error end.

Definition sa_clear_inet6 (sa : sockaddr_in6) : sockaddr_in6 := mkSin6 (replicate 16 0) 0 0 0.

(** ** Equality *)

Definition sin_equal (lhs rhs : sockaddr_in) : bool :=
  (sin_port lhs =? sin_port rhs) && (sin_addr lhs =? sin_addr rhs).
Definition sin6_equal (lhs rhs : sockaddr_in6) : bool :=
  (sin6_port lhs =? sin6_port rhs) && str_eqb (sin6_addr lhs) (sin6_addr rhs).
Definition sin_equal_addr (lhs rhs : sockaddr_in) : bool := sin_addr lhs =? sin_addr rhs.
Definition sin6_equal_addr (lhs rhs : sockaddr_in6) : bool :=
  str_eqb (sin6_addr lhs) (sin6_addr rhs).

(** The switch on the family of one side of a comparison. *)
Definition valid_family (sa : sockaddr) : bool :=
  match sa with AF_UNIX _ | AF_OTHER _ => false | _ => true end.

Definition sa_equal (lhs rhs : sockaddr) : res bool :=
  _ ← throw_when (negb (valid_family rhs)) internal_error;
  match lhs with
  | AF_INET l => Ok (match rhs with AF_INET r => sin_equal l r | _ => false end)
  | AF_INET6 l => Ok (match rhs with AF_INET6 r => sin6_equal l r | _ => false end)
  | AF_UNSPEC => Ok (match rhs with AF_UNSPEC => true | _ => false end)
  | _ => Throw internal_error
  end.

Definition sa_equal_addr (lhs rhs : sockaddr) : res bool :=
  _ ← throw_when (negb (valid_family rhs)) internal_error;
  match lhs with
  | AF_INET l => Ok (match rhs with AF_INET r => sin_equal_addr l r | _ => false end)
  | AF_INET6 l => Ok (match rhs with AF_INET6 r => sin6_equal_addr l r | _ => false end)
  | AF_UNSPEC => Ok (match rhs with AF_UNSPEC => true | _ => false end)
  | _ => Throw internal_error
  end.

Definition fd_sap_equal (lhs rhs : Z * sockaddr) : res bool :=
  if fst lhs =? fst rhs then sa_equal (snd lhs) (snd rhs) else Ok false.

Definition sa_inet_union_from_sa (sa : sockaddr) : res sockaddr :=
  match sa with
  | AF_INET _ | AF_INET6 _ => Ok sa
  | _ => Throw internal_error
  end.

(** The union is what its family says it holds. *)
Definition sa_copy_to_inet_union (sa u : sockaddr) : res sockaddr :=
  match sa with
  | AF_UNSPEC => Ok AF_UNSPEC
  | AF_INET _ | AF_INET6 _ => Ok sa
  | _ => Throw internal_error
  end.

Section host.
Context `{ByteOrder}.

(** ** Classification *)

Definition sin_is_any (sa : sockaddr_in) : bool := sin_addr sa =? htonl INADDR_ANY.
Definition sin_is_broadcast (sa : sockaddr_in) : bool := sin_addr sa =? htonl INADDR_BROADCAST.
Definition sin_is_loopback (sa : sockaddr_in) : bool :=
  Z.shiftr (ntohl (sin_addr sa)) 24 =? 127.

Definition sa_is_any (sa : sockaddr) : bool :=
  match sa with
  | AF_INET s => sin_is_any s
  | AF_INET6 s =>
      if sa_is_v4mapped (Some sa) then sin6_addr32_index s 3 =? htonl INADDR_ANY
      else sin6_is_any s
  | _ => true
  end.

Definition sa_is_broadcast (sa : sockaddr) : bool :=
  match sa with
  | AF_INET s => sin_is_broadcast s
  | AF_INET6 s =>
      if sa_is_v4mapped (Some sa) then sin6_addr32_index s 3 =? htonl INADDR_BROADCAST
      else false
  | _ => false
  end.

Definition sa_is_loopback (sa : sockaddr) : bool :=
  match sa with
  | AF_INET s => sin_is_loopback s
  | AF_INET6 s =>
      if sa_is_v4mapped (Some sa) then
        let v4_raw := sin6_addr32_index s 3 in Z.shiftr (ntohl v4_raw) 24 =? 127
      else sin6_is_loopback s
  | _ => false
  end.

(** ** Ports *)

Definition sa_port (sa : option sockaddr) : Z :=
  match sa with
  | Some (AF_INET s) => ntohs (sin_port s)
  | Some (AF_INET6 s) => ntohs (sin6_port s)
  | _ => 0
  end.

Definition sa_is_port_any (sa : option sockaddr) : bool := sa_port sa =? 0.

Definition sa_set_port (sa : sockaddr) (port : Z) : res sockaddr :=
  match sa with
  | AF_INET s => Ok (AF_INET (mkSin (sin_addr s) (htons port)))
  | AF_INET6 s =>
      Ok (AF_INET6 (mkSin6 (sin6_addr s) (htons port) (sin6_flowinfo s) (sin6_scope_id s)))
  | _ => Throw internal_error
  end.

(** ** Construction from host order, and v4-mapped addresses *)

Definition sin_make_any : sockaddr_in := mkSin (htonl INADDR_ANY) 0.
Definition sin_make_h (addr port : Z) : sockaddr_in := mkSin (htonl addr) (htons port).
Definition sa_make_inet_any : sockaddr := AF_INET sin_make_any.
Definition sa_make_inet_h (addr port : Z) : sockaddr := AF_INET (sin_make_h addr port).

(** The four words are written in memory in network order. *)
Definition sin6_make_addr32 (addr0 addr1 addr2 addr3 : Z) : bytes :=
  store_int 4 (htonl addr0) ++ store_int 4 (htonl addr1) ++
  store_int 4 (htonl addr2) ++ store_int 4 (htonl addr3).

Definition sin_from_v4mapped_in6 (sin6 : option sockaddr_in6) : res sockaddr_in :=
  match sin6 with
  | Some s =>
      if sin6_is_v4mapped sin6 then Ok (mkSin (htonl (sin6_addr32_index s 3)) (sin6_port s))
      else Throw internal_error
  | None => Throw internal_error
  end.

Definition sin6_to_v4mapped_in (sin : sockaddr_in) : sockaddr_in6 :=
  mkSin6 (sin6_make_addr32 0 0 65535 (ntohl (sin_addr sin))) (sin_port sin) 0 0.

Definition sa_from_v4mapped_in6 (sin6 : option sockaddr_in6) : res sockaddr :=
  s ← sin_from_v4mapped_in6 sin6; Ok (sa_from_in s).
Definition sa_to_v4mapped_in (sin : sockaddr_in) : sockaddr :=
  sa_from_in6 (sin6_to_v4mapped_in sin).

Definition sa_from_v4mapped (sa : option sockaddr) : res sockaddr :=
  match sa with
  | Some (AF_INET6 s) => r ← sin_from_v4mapped_in6 (Some s); Ok (sa_from_in r)
  | _ => Throw internal_error
  end.

Definition sa_to_v4mapped (sa : option sockaddr) : res sockaddr :=
  match sa with
  | Some (AF_INET s) => Ok (sa_from_in6 (sin6_to_v4mapped_in s))
  | _ => Throw internal_error
  end.

Definition sa_convert (sa : option sockaddr) : res sockaddr :=
  match sa with
  | None => Ok sa_make_unspec
  | Some (AF_INET s) => Ok (sa_copy_in s)
  | Some (AF_INET6 s) =>
      if sin6_is_v4mapped (Some s) then sa_from_v4mapped_in6 (Some s) else Ok (sa_copy_in6 s)
  | Some AF_UNSPEC => Ok sa_make_unspec
  | Some _ => Throw internal_error
  end.

Definition sa_copy_unmapped (sa : option sockaddr) : res sockaddr :=
  match sa with
  | None => Throw internal_error
  | Some (AF_INET s) => Ok (sa_copy_in s)
  | Some (AF_INET6 s) =>
      if sin6_is_v4mapped (Some s) then sa_from_v4mapped_in6 (Some s) else Ok (sa_copy_in6 s)
  | Some AF_UNSPEC => Ok sa_make_unspec
  | Some _ => Throw internal_error
  end.

Definition sa_copy_addr_in (sa : sockaddr_in) (port : Z) : sockaddr :=
  AF_INET (mkSin (sin_addr sa) (htons port)).
Definition sa_copy_addr_in6 (sa : sockaddr_in6) (port : Z) : sockaddr :=
  AF_INET6 (mkSin6 (sin6_addr sa) (htons port) 0 0).

Definition sa_copy_addr (sa : option sockaddr) (port : Z) : res sockaddr :=
  match sa with
  | None => Throw internal_error
  | Some (AF_INET s) => Ok (sa_copy_addr_in s port)
  | Some (AF_INET6 s) => Ok (sa_copy_addr_in6 s port)
  | Some AF_UNSPEC => Ok sa_make_unspec
  | Some _ => Throw internal_error
  end.

(** ** Order *)

Definition sa_less (lhs rhs : sockaddr) : res bool :=
  _ ← throw_when (negb (sa_is_inet_inet6 (Some lhs))) internal_error;
  _ ← throw_when (negb (sa_is_inet_inet6 (Some rhs))) internal_error;
  match lhs, rhs with
  | AF_INET l, AF_INET r =>
      if negb (sin_addr l =? sin_addr r) then Ok (ntohl (sin_addr l) <? ntohl (sin_addr r))
      else Ok (ntohs (sin_port l) <? ntohs (sin_port r))
  | AF_INET6 l, AF_INET6 r =>
      match str_compare (sin6_addr l) (sin6_addr r) with
      | Eq => Ok (ntohs (sin6_port l) <? ntohs (sin6_port r))
      | Lt => Ok true
      | Gt => Ok false
      end
  | AF_INET _, _ => Ok true
  | _, _ => Ok false
  end.

Definition sa_less_addr (lhs rhs : sockaddr) : res bool :=
  _ ← throw_when (negb (sa_is_inet_inet6 (Some lhs))) internal_error;
  _ ← throw_when (negb (sa_is_inet_inet6 (Some rhs))) internal_error;
  match lhs, rhs with
  | AF_INET l, AF_INET r => Ok (ntohl (sin_addr l) <? ntohl (sin_addr r))
  | AF_INET6 l, AF_INET6 r => Ok (str_lt (sin6_addr l) (sin6_addr r))
  | AF_INET _, _ => Ok true
  | _, _ => Ok false
  end.

(** ** Printing

    [inet_ntop] is the C library's: the text of an address from its bytes in
    memory, or failure. *)
Section printing.
Variable inet_ntop : bytes -> option bytes.

Definition sin_addr_str (sa : sockaddr_in) : res bytes :=
  match inet_ntop (store_int 4 (sin_addr sa)) with
  | Some s => Ok s
  | None => Throw internal_error
  end.
Definition sin6_addr_str (sa : sockaddr_in6) : res bytes :=
  match inet_ntop (sin6_addr sa) with
  | Some s => Ok s
  | None => Throw internal_error
  end.

Definition sa_addr_str (sa : option sockaddr) : res bytes :=
  match sa with
  | None => Ok []
  | Some (AF_INET s) => sin_addr_str s
  | Some (AF_INET6 s) => sin6_addr_str s
  | Some AF_UNSPEC => Ok []
  | Some _ => Throw internal_error
  end.

Definition sin_pretty_str (sa : sockaddr_in) : res bytes :=
  result ← sin_addr_str sa;
  Ok (if negb (sin_port sa =? 0) then result ++ 58 :: Bencode.decimal (ntohs (sin_port sa)) else result).

Definition sin_pretty_or_empty (sa : option sockaddr_in) : res bytes :=
  match sa with
  | None => Ok []
  | Some s =>
      result ← sin_addr_str s;
      Ok (if negb (sin_port s =? 0) then result ++ 58 :: Bencode.decimal (ntohs (sin_port s)) else result)
  end.

Definition sin6_pretty_str (sa : sockaddr_in6) : res bytes :=
  addr ← sin6_addr_str sa;
  let result := 91 :: addr ++ [93] in
  Ok (if negb (sin6_port sa =? 0) then result ++ 58 :: Bencode.decimal (ntohs (sin6_port sa)) else result).

Definition sin6_pretty_or_empty (sa : option sockaddr_in6) : res bytes :=
  match sa with
  | None => Ok []
  | Some s =>
      addr ← sin6_addr_str s;
      let result := 91 :: addr ++ [93] in
      Ok (if negb (sin6_port s =? 0) then result ++ 58 :: Bencode.decimal (ntohs (sin6_port s)) else result)
  end.

Definition sa_pretty_str (sa : option sockaddr) : res bytes :=
  match sa with
  | None => Ok [110; 117; 108; 108]
  | Some (AF_INET s) => sin_pretty_str s
  | Some (AF_INET6 s) => sin6_pretty_str s
  | Some AF_UNSPEC => Ok [117; 110; 115; 112; 101; 99]
  | Some _ => Ok [105; 110; 118; 97; 108; 105; 100]
  end.
End printing.

(** ** Numeric look-ups

    [getaddrinfo] with [AI_NUMERICHOST] is the C library's: the answer to a
    host name and family, or one of the two errors that say the name is no
    address, or another error. *)
Inductive gai :=
  | gai_address (sa : sockaddr)
  | gai_noname
  | gai_addrfamily
  | gai_error (e : Z).

Inductive family := family_unspec | family_inet | family_inet6 | family_other.

Section lookup.
Variable getaddrinfo : bytes -> family -> gai.

Definition try_lookup_numeric (hostname : bytes) (fam : family)
    : res (option sockaddr_in * option sockaddr_in6) :=
  match getaddrinfo hostname fam with
  | gai_noname | gai_addrfamily => Ok (None, None)
  | gai_error _ => Throw internal_error
  | gai_address (AF_INET s) => Ok (Some (sin_copy s), None)
  | gai_address (AF_INET6 s) => Ok (None, Some (sin6_copy s))
  | gai_address _ => Throw internal_error
  end.

Definition sa_lookup_numeric (address_str : bytes) (fam : family)
    : res (option sockaddr * bool) :=
  '(sin, sin6) ← try_lookup_numeric address_str family_unspec;
  match fam with
  | family_unspec =>
      match sin, sin6 with
      | Some s, _ => Ok (Some (sa_copy_in s), true)
      | None, Some s => Ok (Some (sa_copy_in6 s), true)
      | None, None => Ok (None, true)
      end
  | family_inet =>
      match sin, sin6 with
      | Some s, _ => Ok (Some (sa_copy_in s), true)
      | None, Some _ => Ok (None, false)
      | None, None => Ok (None, true)
      end
  | family_inet6 =>
      match sin6, sin with
      | Some s, _ => Ok (Some (sa_copy_in6 s), true)
      | None, Some _ => Ok (None, false)
      | None, None => Ok (None, true)
      end
  | family_other => Throw internal_error
  end.

(** The same function asked without [AI_NUMERICHOST]. *)
Definition sa_lookup_address (address_str : bytes) (fam : family) : res sockaddr :=
  match address_str with
  | [] => Ok sa_make_unspec
  | _ =>
      match getaddrinfo address_str fam with
      | gai_address sa => sa_copy (Some sa)
      | _ => Throw input_error
      end
  end.
End lookup.
End host.

(** ** Facts *)

Definition is_sin (s : sockaddr_in) : Prop := is_u32 (sin_addr s) /\ 0 <= sin_port s < 2 ^ 16.
Definition is_sin6 (s : sockaddr_in6) : Prop :=
  length (sin6_addr s) = 16%nat /\ Forall is_u8 (sin6_addr s) /\ 0 <= sin6_port s < 2 ^ 16.
Definition is_inet (sa : sockaddr) : Prop :=
  match sa with AF_INET s => is_sin s | AF_INET6 s => is_sin6 s | _ => False end.

Lemma str_eqb_decide a b : str_eqb a b = bool_decide (a = b).
Proof.
  unfold str_eqb. destruct (str_compare a b) eqn:E.
  - symmetry. apply bool_decide_eq_true. by apply str_compare_eq.
  - symmetry. apply bool_decide_eq_false. intros He. apply str_compare_eq in He. congruence.
  - symmetry. apply bool_decide_eq_false. intros He. apply str_compare_eq in He. congruence.
Qed.

Lemma str_compare_app a b c d : length a = length b ->
  str_compare (a ++ c) (b ++ d) = match str_compare a b with Eq => str_compare c d | r => r end.
Proof.
  revert b. induction a as [|x a IH]; intros [|y b] Hl; simpl in *; try done.
  destruct (x ?= y); [apply IH; lia|done..].
Qed.

(** Byte strings of one length compare as the numbers they stand for. *)
Lemma str_compare_combine a b : Forall is_u8 a -> Forall is_u8 b -> length a = length b ->
  str_compare a b = (ProtocolBuffer.be_combine a ?= ProtocolBuffer.be_combine b).
Proof.
  revert b. induction a as [|x a IH]; intros [|y b] Ha Hb Hl; simpl in Hl; try done.
  apply Forall_cons in Ha as [Hx Ha], Hb as [Hy Hb].
  assert (Hab : length a = length b) by lia.
  change (x :: a) with ([x] ++ a) at 2. change (y :: b) with ([y] ++ b) at 2.
  rewrite (be_combine_app [x] a), (be_combine_app [y] b).
  change (ProtocolBuffer.be_combine [x]) with x. change (ProtocolBuffer.be_combine [y]) with y.
  pose proof (be_combine_range a Ha) as Ra. pose proof (be_combine_range b Hb) as Rb.
  assert (Hz : zlen a = zlen b) by (unfold zlen; lia). rewrite Hz in *.
  unfold is_u8 in *. simpl. destruct (Z.compare_spec x y) as [->|Hlt|Hgt].
  - rewrite IH by done. destruct (Z.compare_spec (ProtocolBuffer.be_combine a) (ProtocolBuffer.be_combine b));
      symmetry; [apply Z.compare_eq_iff|apply Z.compare_lt_iff|apply Z.compare_gt_iff]; lia.
  - symmetry. apply Z.compare_lt_iff. nia.
  - symmetry. apply Z.compare_gt_iff. nia.
Qed.

Section facts.
Context `{ByteOrder}.

(** An address as the bytes that decide its place in the order: the family,
    the address and the port, in network order. *)
Definition sa_bytes (sa : sockaddr) : bytes :=
  match sa with
  | AF_INET s => 0 :: store_int 4 (sin_addr s) ++ store_int 2 (sin_port s)
  | AF_INET6 s => 1 :: sin6_addr s ++ store_int 2 (sin6_port s)
  | _ => []
  end.

Lemma store_int_inj k v w : 0 <= v < 256 ^ Z.of_nat k -> 0 <= w < 256 ^ Z.of_nat k ->
  store_int k v = store_int k w -> v = w.
Proof. intros Hv Hw He. rewrite <- (load_store k v), <- (load_store k w) by done. by rewrite He. Qed.

Lemma ntohs_lt v w : (ntohs v <? ntohs w) = str_lt (store_int 2 v) (store_int 2 w).
Proof.
  unfold str_lt, ntohs. rewrite str_compare_combine;
    [|apply store_bytes..|by rewrite !store_length].
  destruct (Z.compare_spec (ProtocolBuffer.be_combine (store_int 2 v))
    (ProtocolBuffer.be_combine (store_int 2 w))); [apply Z.ltb_ge|apply Z.ltb_lt|apply Z.ltb_ge]; lia.
Qed.

Lemma ntohl_compare v w :
  str_compare (store_int 4 v) (store_int 4 w) = (ntohl v ?= ntohl w).
Proof.
  unfold ntohl. apply str_compare_combine; [apply store_bytes..|by rewrite !store_length].
Qed.

Lemma ntohl_inj v w : is_u32 v -> is_u32 w -> ntohl v = ntohl w -> v = w.
Proof. intros Hv Hw He. rewrite <- (htonl_ntohl v), <- (htonl_ntohl w) by done. by rewrite He. Qed.

Lemma sa_less_bytes a b : is_inet a -> is_inet b ->
  sa_less a b = Ok (str_lt (sa_bytes a) (sa_bytes b)).
Proof.
  intros Ha Hb. destruct a as [|a|a| |], b as [|b|b| |]; try done; unfold sa_less; res_simpl.
  - destruct Ha as [Ha _], Hb as [Hb _]. cbn [sa_bytes]. unfold str_lt at 1. cbn [str_compare].
    rewrite Z.compare_refl, str_compare_app by by rewrite !store_length.
    rewrite ntohl_compare. destruct (Z.eqb_spec (sin_addr a) (sin_addr b)) as [He|Hne].
    + rewrite He, Z.compare_refl. simpl. by rewrite ntohs_lt.
    + simpl. destruct (Z.compare_spec (ntohl (sin_addr a)) (ntohl (sin_addr b))) as [He| |].
      * by apply ntohl_inj in He.
      * by rewrite (proj2 (Z.ltb_lt _ _)).
      * by rewrite (proj2 (Z.ltb_ge _ _)) by lia.
  - destruct Ha as (Ha & _), Hb as (Hb & _). cbn [sa_bytes]. unfold str_lt at 1. cbn [str_compare].
    rewrite Z.compare_refl, str_compare_app by by rewrite Ha, Hb.
    destruct (str_compare (sin6_addr a) (sin6_addr b)); [by rewrite ntohs_lt|done..].
Qed.

Lemma sa_equal_bytes a b : is_inet a -> is_inet b ->
  sa_equal a b = Ok (bool_decide (sa_bytes a = sa_bytes b)).
Proof.
  intros Ha Hb. destruct a as [|a|a| |], b as [|b|b| |]; try done; unfold sa_equal; res_simpl;
    cbn [valid_family negb throw_when mbind res_bind]; apply (f_equal Ok).
  - destruct Ha as [Ha1 Ha2], Hb as [Hb1 Hb2]. unfold sin_equal. cbn [sa_bytes].
    apply eq_true_iff_eq. rewrite bool_decide_eq_true, andb_true_iff, !Z.eqb_eq. split.
    + intros [-> ->]. done.
    + intros [= He]. apply app_inj_1 in He as [H1 H2]; [|by rewrite !store_length].
      apply store_int_inj in H1, H2; done.
  - destruct Ha as (Ha1 & Ha2 & Ha3), Hb as (Hb1 & Hb2 & Hb3). unfold sin6_equal. cbn [sa_bytes].
    rewrite str_eqb_decide. apply eq_true_iff_eq.
    rewrite bool_decide_eq_true, andb_true_iff, Z.eqb_eq, bool_decide_eq_true. split.
    + intros [-> ->]. done.
    + intros [= He]. apply app_inj_1 in He as [H1 H2]; [|by rewrite Ha1, Hb1].
      apply store_int_inj in H2; done.
Qed.

(** The last word of an IPv6 address, read byte by byte. *)
Lemma addr32_index_tail p w s : length p = 12%nat -> length w = 4%nat -> Forall is_u8 w ->
  sin6_addr s = p ++ w -> sin6_addr32_index s 3 = ProtocolBuffer.be_combine w.
Proof.
  intros Hp Hw Hb Hs. pose proof (be_combine_range w Hb) as Hr. unfold zlen in Hr. rewrite Hw in Hr.
  unfold sin6_addr32_index, addr_byte. rewrite Hs.
  rewrite !app_nth2 by lia. rewrite Hp.
  destruct w as [|a [|b [|c [|d []]]]]; try done.
  rewrite !Z.shiftl_mul_pow2 by lia. unfold ProtocolBuffer.be_combine in *. cbn [foldl nth Nat.sub Nat.mul Nat.add] in *.
  change (256 ^ Z.of_nat 4) with (2 ^ 32) in Hr. unfold u32.
  rewrite Z.mod_small; lia.
Qed.

Lemma v4mapped_addr x : sin6_make_addr32 0 0 65535 x = replicate 10 0 ++ [255; 255] ++ ProtocolBuffer.be 4 x.
Proof. unfold sin6_make_addr32. rewrite !store_htonl. done. Qed.

Lemma mapped_is_sin6 s : is_sin s -> is_sin6 (sin6_to_v4mapped_in s).
Proof.
  intros [_ Hp]. unfold is_sin6, sin6_to_v4mapped_in. cbn [sin6_addr sin6_port].
  rewrite v4mapped_addr. split_and!; [|rewrite !Forall_app|lia..].
  - rewrite !length_app, ProtocolBuffer.be_length. done.
  - split_and!; [| |apply be_bytes]; repeat (constructor; [by unfold is_u8|]); constructor.
Qed.

Lemma from_to_v4mapped s : is_sin s -> sin_from_v4mapped_in6 (Some (sin6_to_v4mapped_in s)) = Ok s.
Proof.
  intros [Ha Hp]. unfold sin_from_v4mapped_in6, sin6_to_v4mapped_in. cbn [sin6_is_v4mapped sin6_addr sin6_port].
  rewrite v4mapped_addr. rewrite (app_assoc (replicate 10 0) [255; 255]).
  unfold IN6_IS_ADDR_V4MAPPED. rewrite take_app_length' by done.
  rewrite str_eqb_decide, bool_decide_eq_true_2 by done.
  rewrite (addr32_index_tail (replicate 10 0 ++ [255; 255]) (ProtocolBuffer.be 4 (ntohl (sin_addr s))));
    [|done|apply ProtocolBuffer.be_length|apply be_bytes|done].
  rewrite ProtocolBuffer.be_combine_be by apply ntohl_range.
  rewrite htonl_ntohl by done. by destruct s.
Qed.

Lemma to_from_v4mapped s : is_sin6 s -> sin6_is_v4mapped (Some s) = true ->
  exists r, sin_from_v4mapped_in6 (Some s) = Ok r /\ is_sin r /\
    sin6_to_v4mapped_in r = mkSin6 (sin6_addr s) (sin6_port s) 0 0.
Proof.
  intros (Hl & Hb & Hp) Hm. unfold sin_from_v4mapped_in6. rewrite Hm. eexists. split; [done|].
  cbn [sin6_is_v4mapped] in Hm. unfold IN6_IS_ADDR_V4MAPPED in Hm.
  rewrite str_eqb_decide in Hm. apply bool_decide_eq_true in Hm.
  assert (Hw : length (drop 12 (sin6_addr s)) = 4%nat) by (rewrite length_drop; lia).
  assert (Hwb : Forall is_u8 (drop 12 (sin6_addr s))) by by apply Forall_drop.
  pose proof (take_drop 12 (sin6_addr s)) as Htd. rewrite Hm in Htd.
  rewrite (addr32_index_tail (replicate 10 0 ++ [255; 255]) (drop 12 (sin6_addr s))) by done.
  split; [split; [apply htonl_range|done]|].
  unfold sin6_to_v4mapped_in. cbn [sin_addr sin_port]. f_equal.
  rewrite ntohl_htonl, v4mapped_addr.
  - rewrite <- Htd at 2. rewrite <- app_assoc. do 2 f_equal.
    rewrite <- Hw at 1. by apply be_be_combine.
  - pose proof (be_combine_range _ Hwb) as Hr. unfold zlen in Hr. by rewrite Hw in Hr.
Qed.

(** An IPv4 address survives the trip through its v4-mapped form, and a
    v4-mapped address through its IPv4 form, apart from flow label and scope,
    which become zero.  Every other IPv6 address is refused. *)
Theorem v4mapped_roundtrip a :
  is_inet a ->
  match a with
  | AF_INET s =>
      exists m, sa_to_v4mapped (Some a) = Ok m /\ sa_is_v4mapped (Some m) = true /\
        is_inet m /\ sa_from_v4mapped (Some m) = Ok a /\ sa_convert (Some m) = Ok a
  | AF_INET6 s =>
      if sa_is_v4mapped (Some a) then
        exists r m, sa_from_v4mapped (Some a) = Ok r /\ is_inet r /\
          sa_to_v4mapped (Some r) = Ok m /\ sa_equal m a = Ok true
      else sa_from_v4mapped (Some a) = Throw internal_error /\ sa_convert (Some a) = Ok a
  | _ => True
  end.
Proof.
  intros Ha. destruct a as [|s|s| |]; try done.
  - pose proof (from_to_v4mapped s Ha) as Hr.
    assert (Hm : sin6_is_v4mapped (Some (sin6_to_v4mapped_in s)) = true).
    { unfold sin_from_v4mapped_in6 in Hr. by destruct (sin6_is_v4mapped _). }
    eexists. split; [done|]. cbn [sa_from_in6 sa_is_v4mapped sa_from_v4mapped sa_convert is_inet].
    unfold sa_from_v4mapped_in6. rewrite Hr. split_and!; try done.
    + by apply mapped_is_sin6.
    + by rewrite Hm.
  - cbn [sa_is_v4mapped]. destruct (sin6_is_v4mapped (Some s)) eqn:Em.
    + destruct (to_from_v4mapped s Ha Em) as (r & Hr & Hi & Ht). cbn [sa_from_v4mapped].
      rewrite Hr. eexists _, _. split; [done|]. split; [done|]. split; [done|].
      unfold sa_from_in6. rewrite Ht. rewrite sa_equal_bytes; [|done|done].
      f_equal. by apply bool_decide_eq_true.
    + cbn [sa_from_v4mapped sa_convert]. unfold sin_from_v4mapped_in6. rewrite Em. done.
Qed.

(** The order of two addresses is that of their bytes in network order,
    family first and port last; it is a strict total order whose ties are
    exactly what [sa_equal] calls equal. *)
Theorem sa_less_is_byte_order a b :
  is_inet a -> is_inet b ->
  sa_less a b = Ok (str_lt (sa_bytes a) (sa_bytes b)) /\
  sa_equal a b = Ok (bool_decide (sa_bytes a = sa_bytes b)) /\
  (sa_less a b = Ok false -> sa_less b a = Ok false -> sa_equal a b = Ok true).
Proof.
  intros Ha Hb. rewrite !sa_less_bytes, sa_equal_bytes by done. split_and!; [done..|].
  intros [= H1] [= H2]. f_equal. apply bool_decide_eq_true.
  unfold str_lt in *. rewrite str_compare_antisym in H2.
  destruct (str_compare (sa_bytes a) (sa_bytes b)) eqn:E; [by apply str_compare_eq|done..].
Qed.
End facts.

(** A v4-mapped address is taken for a loopback address by its last byte
    instead of its first one when the host is little-endian: the word read by
    [sin6_addr32_index] is in host order already and is swapped again. *)
Theorem mapped_loopback_swapped (little : ByteOrder) (b1 b2 b3 b4 : Z) s :
  is_u8 b1 -> is_u8 b2 -> is_u8 b3 -> is_u8 b4 ->
  sin6_addr s = replicate 10 0 ++ [255; 255] ++ [b1; b2; b3; b4] ->
  sa_is_loopback (AF_INET6 s) = ((if little : bool then b4 else b1) =? 127).
Proof.
  intros H1 H2 H3 H4 Hs. unfold sa_is_loopback. cbn [sa_is_v4mapped sin6_is_v4mapped].
  unfold IN6_IS_ADDR_V4MAPPED. rewrite Hs, (app_assoc (replicate 10 0)), take_app_length' by done.
  rewrite str_eqb_decide, bool_decide_eq_true_2 by done.
  assert (Hb : Forall is_u8 [b1; b2; b3; b4]) by (repeat (constructor; [done|]); constructor).
  rewrite (addr32_index_tail (replicate 10 0 ++ [255; 255]) [b1; b2; b3; b4]) by done.
  f_equal. unfold ntohl, store_int, little_endian.
  change 4%nat with (length [b1; b2; b3; b4]). rewrite be_be_combine by done.
  unfold is_u8 in *. destruct little; cbn [rev app]; unfold ProtocolBuffer.be_combine; cbn [foldl];
    rewrite Z.shiftr_div_pow2 by lia; change (2 ^ 24) with 16777216; Z.to_euclidean_division_equations; lia.
Qed.

Lemma v4mapped_roundtrip_witness :
  exists m, sa_to_v4mapped (H := true) (Some (AF_INET (mkSin 16777343 20480))) = Ok m /\
    sa_from_v4mapped (H := true) (Some m) = Ok (AF_INET (mkSin 16777343 20480)).
Proof.
  destruct (v4mapped_roundtrip (H := true) (AF_INET (mkSin 16777343 20480))) as (m & H1 & _ & _ & H2 & _).
  - split; cbn; unfold is_u32; lia.
  - exists m. done.
Defined.

Lemma sa_less_is_byte_order_witness :
  sa_less (H := true) (AF_INET (mkSin 16777343 20480)) (AF_INET (mkSin 33554559 0)) = Ok true.
Proof.
  destruct (sa_less_is_byte_order (H := true) (AF_INET (mkSin 16777343 20480)) (AF_INET (mkSin 33554559 0)))
    as (-> & _ & _).
  - split; cbn; unfold is_u32; lia.
  - split; cbn; unfold is_u32; lia.
  - vm_compute. done.
Defined.

Example mapped_loopback_missed :
  sa_is_loopback (H := true) (AF_INET6 (mkSin6 (replicate 10 0 ++ [255; 255; 127; 0; 0; 1]) 0 0 0)) = false /\
  sa_is_loopback (H := true) (AF_INET6 (mkSin6 (replicate 10 0 ++ [255; 255; 8; 8; 8; 127]) 0 0 0)) = true.
Proof. split; vm_compute; done. Qed.
End SocketAddress.

(** ** Keys of peers by address *)

Module SocketAddressKey.
Import SocketAddress.

(** The union of the two addresses is its sixteen bytes. *)
Record socket_address_key := mkKey { m_family : Z; m_union : bytes }.

Definition AF_UNSPEC_value : Z := 0.
Definition AF_INET_value : Z := 2.
Definition AF_INET6_value : Z := 10.

Definition is_valid (k : socket_address_key) : bool := negb (m_family k =? AF_UNSPEC_value).

Definition is_comparable_sockaddr (sa : option sockaddr) : bool :=
  match sa with Some (AF_INET _) | Some (AF_INET6 _) => true | _ => false end.

Section host.
Context `{ByteOrder}.

Definition from_sin_addr (sa : sockaddr_in) : socket_address_key :=
  mkKey AF_INET_value (store_int 4 (ntohl (sin_addr sa)) ++ replicate 12 0).
Definition from_sin6_addr (sa : sockaddr_in6) : socket_address_key :=
  mkKey AF_INET6_value (sin6_addr sa).

Definition from_sockaddr (sa : option sockaddr) : socket_address_key :=
  match sa with
  | Some (AF_INET s) => mkKey AF_INET_value (store_int 4 (ntohl (sin_addr s)) ++ replicate 12 0)
  | Some (AF_INET6 s) => mkKey AF_INET6_value (sin6_addr s)
  | _ => mkKey AF_UNSPEC_value (replicate 16 0)
  end.

(** The packed structure in memory, which the operators compare. *)
Definition key_memory (k : socket_address_key) : bytes := store_int 2 (m_family k) ++ m_union k.

Definition key_less (k l : socket_address_key) : bool := str_lt (key_memory k) (key_memory l).
Definition key_greater (k l : socket_address_key) : bool := str_lt (key_memory l) (key_memory k).
Definition key_equal (k l : socket_address_key) : bool := str_eqb (key_memory k) (key_memory l).

Lemma store_ntohl_inj v w : is_u32 v -> is_u32 w ->
  store_int 4 (ntohl v) = store_int 4 (ntohl w) -> v = w.
Proof.
  intros Hv Hw He. apply store_int_inj in He; [|apply ntohl_range..]. by apply ntohl_inj.
Qed.

(** The keys of two addresses are equal exactly when the addresses are,
    whatever their ports, and the order of keys is total, so a map by keys
    holds one entry for each address. *)
Theorem keys_identify_addresses a b :
  is_inet a -> is_inet b ->
  let k := from_sockaddr (Some a) in let l := from_sockaddr (Some b) in
  is_valid k = true /\
  Ok (key_equal k l) = sa_equal_addr a b /\
  negb (key_less k l) && negb (key_less l k) = key_equal k l /\
  (forall m, key_less k l = true -> key_less l m = true -> key_less k m = true).
Proof.
  intros Ha Hb k l. split_and!.
  - by destruct a.
  - unfold key_equal. rewrite str_eqb_decide. subst k l.
    destruct a as [|a|a| |], b as [|b|b| |]; try done; cbn [from_sockaddr].
    + unfold sa_equal_addr; res_simpl; cbn [valid_family negb throw_when mbind res_bind].
      apply (f_equal Ok). unfold sin_equal_addr, key_memory. cbn [m_family m_union].
      apply eq_true_iff_eq. rewrite bool_decide_eq_true, Z.eqb_eq. split; [|by intros ->].
      intros He. apply app_inv_head, app_inv_tail in He.
      by apply store_ntohl_inj in He; [|apply Ha|apply Hb].
    + unfold sa_equal_addr. res_simpl. cbn. f_equal. apply bool_decide_eq_false.
      unfold key_memory, store_int. cbn [m_family m_union]. by destruct little_endian.
    + unfold sa_equal_addr. res_simpl. cbn. f_equal. apply bool_decide_eq_false.
      unfold key_memory, store_int. cbn [m_family m_union]. by destruct little_endian.
    + unfold sa_equal_addr; res_simpl; cbn [valid_family negb throw_when mbind res_bind].
      apply (f_equal Ok). unfold sin6_equal_addr, key_memory. cbn [m_family m_union].
      rewrite str_eqb_decide. apply eq_true_iff_eq. rewrite !bool_decide_eq_true.
      split; [by intros He%app_inv_head|by intros ->].
  - unfold key_less, key_equal, str_lt, str_eqb. rewrite (str_compare_antisym (key_memory k)).
    by destruct (str_compare (key_memory k) (key_memory l)).
  - intros m. unfold key_less. apply str_lt_trans.
Qed.
End host.

Lemma keys_identify_addresses_witness :
  key_equal (H := true) (from_sockaddr (H := true) (Some (AF_INET (mkSin 16777343 1))))
    (from_sockaddr (H := true) (Some (AF_INET (mkSin 16777343 2)))) = true.
Proof.
  destruct (keys_identify_addresses (H := true) (AF_INET (mkSin 16777343 1)) (AF_INET (mkSin 16777343 2)))
    as (_ & He & _).
  - split; cbn; unfold is_u32; lia.
  - split; cbn; unfold is_u32; lia.
  - exact (f_equal (res_value false) He).
Defined.

(** On a little-endian host the order of the keys is not that of the dotted
    addresses: 1.0.0.2 comes after 2.0.0.1. *)
Example keys_not_in_lexical_order :
  let a := AF_INET (sin_make_h (H := true) (2 ^ 24 + 2) 0) in
  let b := AF_INET (sin_make_h (H := true) (2 * 2 ^ 24 + 1) 0) in
  sa_less (H := true) a b = Ok true /\
  key_less (H := true) (from_sockaddr (H := true) (Some a)) (from_sockaddr (H := true) (Some b)) = false.
Proof. split; vm_compute; done. Qed.
End SocketAddressKey.

(** ** Lists of addresses *)

Module AddressList.
Import SocketAddress.

(** A vector of [sa_inet_union], each the address its family says. *)
Abbreviation AddressList := (list sockaddr).

(** [addr.c_str()], which ends at the first zero byte. *)
Definition c_str (s : bytes) : bytes := fst (find_split (fun c => c =? 0) s).

Definition key_ip : bytes := [105; 112].
Definition key_port : bytes := [112; 111; 114; 116].

(** [std::unique] keeps the first of each run of equal neighbours. *)
Fixpoint unique_from (kept : sockaddr) (l : AddressList) : res AddressList :=
  match l with
  | [] => Ok []
  | b :: l =>
      e ← sa_equal kept b;
      if e : bool then unique_from kept l else r ← unique_from b l; Ok (b :: r)
  end.
Definition unique (l : AddressList) : res AddressList :=
  match l with [] => Ok [] | a :: l => r ← unique_from a l; Ok (a :: r) end.

Section host.
Context `{ByteOrder}.

(** [SocketAddressCompact] and [SocketAddressCompact6] in memory: the address
    and the port. *)
Definition compact_entry (s : bytes) : sockaddr :=
  AF_INET (mkSin (load_int (take 4 s)) (load_int (take 2 (drop 4 s)))).
Definition compact_entry6 (s : bytes) : sockaddr :=
  AF_INET6 (mkSin6 (take 16 s) (load_int (take 2 (drop 16 s))) 0 0).
Definition compact_str (s : sockaddr_in) : bytes :=
  store_int 4 (sin_addr s) ++ store_int 2 (sin_port s).

(** [std::copy] over an array of [n] structures of [k] bytes. *)
Fixpoint copy_entries (entry : bytes -> sockaddr) (k n : nat) (s : bytes) : AddressList :=
  match n with
  | O => []
  | S n => entry (take k s) :: copy_entries entry k n (drop k s)
  end.

Definition parse_address_compact (l : AddressList) (s : bytes) : AddressList :=
  l ++ copy_entries compact_entry 6 ((length s - length s `mod` 6) / 6) s.
Definition parse_address_compact_ipv6 (l : AddressList) (s : bytes) : AddressList :=
  l ++ copy_entries compact_entry6 18 ((length s - length s `mod` 18) / 18) s.

(** The loop ends with fewer than eight bytes left or at an entry that is not
    a string of six bytes. *)
Fixpoint parse_address_bencode (l : AddressList) (s : bytes) : AddressList :=
  match s with
  | c0 :: c1 :: a :: b :: c :: d :: e :: f :: rest =>
      if negb (c0 =? 54) || negb (c1 =? 58) then l
      else parse_address_bencode (l ++ [compact_entry [a; b; c; d; e; f]]) rest
  | _ => l
  end.

(** [inet_pton] is the C library's: the bytes of an address, or failure. *)
Section parse_normal.
Variable inet_pton inet_pton6 : bytes -> option bytes.

Definition parse_entry (obj : Object.Object) : res (option sockaddr) :=
  if negb (Object.is_map obj) then Ok None else
  h ← Object.has_key_type 6 obj key_ip;
  if negb h then Ok None else
  h ← Object.has_key_type 5 obj key_port;
  if negb h then Ok None else
  addr ← (o ← Object.get_key obj key_ip; Object.as_string o);
  port ← (o ← Object.get_key obj key_port; Object.as_value o);
  if (port <=? 0) || (Z.shiftl 1 16 <=? port) then Ok None else
  match inet_pton (c_str addr) with
  | Some a =>
      if load_int a =? htonl INADDR_ANY then Ok None
      else Ok (Some (AF_INET (mkSin (load_int a) (htons port))))
  | None =>
      match inet_pton6 (c_str addr) with
      | Some a =>
          if IN6_IS_ADDR_UNSPECIFIED a then Ok None
          else Ok (Some (AF_INET6 (mkSin6 a (htons port) 0 0)))
      | None => Ok None
      end
  end.

Fixpoint parse_address_normal (l : AddressList) (b : list Object.Object) : res AddressList :=
  match b with
  | [] => Ok l
  | obj :: b =>
      r ← parse_entry obj;
      parse_address_normal (match r with Some sa => l ++ [sa] | None => l end) b
  end.
End parse_normal.

(** [std::sort]: every element of two or more takes part in a comparison, and
    a comparison with an element of another family throws. *)
Definition sa_le (a b : sockaddr) : Prop := sa_less b a <> Ok true.
#[global] Instance res_bool_eq_dec : EqDecision (res bool).
Proof. solve_decision. Defined.
#[global] Instance sa_le_dec : RelDecision sa_le.
Proof. intros a b. unfold sa_le. apply _. Defined.

Definition sort (l : AddressList) : res AddressList :=
  if (length l <=? 1)%nat then Ok l
  else if forallb (fun a => sa_is_inet_inet6 (Some a)) l then Ok (merge_sort sa_le l)
  else Throw internal_error.

Definition sort_and_unique (l : AddressList) : res AddressList :=
  l ← sort l; unique l.
End host.

(** ** Facts *)

Definition bytes_lt (a b : bytes) : Prop := str_lt a b = true.
Definition bytes_le (a b : bytes) : Prop := str_lt b a = false.

Lemma bytes_le_cases a b : bytes_le a b -> a = b \/ bytes_lt a b.
Proof.
  unfold bytes_le, bytes_lt, str_lt. rewrite (str_compare_antisym a b).
  destruct (str_compare a b) eqn:E; [|by right|done]. intros _. left. by apply str_compare_eq.
Qed.

#[global] Instance bytes_le_trans : Transitive bytes_le.
Proof.
  intros a b c [->|Hab]%bytes_le_cases; [done|]. intros [<-|Hbc]%bytes_le_cases.
  - unfold bytes_le, bytes_lt, str_lt in *. rewrite (str_compare_antisym a b).
    by destruct (str_compare a b).
  - pose proof (str_lt_trans a b c Hab Hbc) as Hac. unfold bytes_le, str_lt in *.
    rewrite (str_compare_antisym a c). by destruct (str_compare a c).
Qed.

Section facts.
Context `{ByteOrder}.

#[global] Instance sa_le_total : Total sa_le.
Proof.
  intros a b. unfold sa_le.
  destruct (decide (sa_less b a = Ok true)) as [Hba|]; [|by left]. right. intros Hab.
  destruct a as [|a|a| |], b as [|b|b| |]; try done; unfold sa_less in *; res_simpl.
  - rewrite (Z.eqb_sym (sin_addr b)) in Hba.
    destruct (sin_addr a =? sin_addr b); simpl in *; injection Hab as Hab; injection Hba as Hba; bool_prop; lia.
  - rewrite (str_compare_antisym (sin6_addr a)) in Hba.
    destruct (str_compare (sin6_addr a) (sin6_addr b)); simpl in *; try done.
    injection Hab as Hab; injection Hba as Hba; bool_prop; lia.
Qed.

Lemma sorted_bytes l : Forall is_inet l -> Sorted sa_le l -> StronglySorted bytes_le (sa_bytes <$> l).
Proof.
  intros Hl Hs. apply Sorted_StronglySorted; [apply bytes_le_trans|].
  induction Hs as [|a l Hs IH Hd]; [constructor|]. apply Forall_cons in Hl as [Ha Hl].
  rewrite fmap_cons. constructor; [by apply IH|].
  destruct Hd as [|b l Hab]; constructor. apply Forall_cons in Hl as [Hb _].
  unfold sa_le in Hab. rewrite sa_less_bytes in Hab by done. unfold bytes_le.
  by destruct (str_lt (sa_bytes b) (sa_bytes a)).
Qed.

Lemma sort_sorts l : Forall is_inet l ->
  exists r, sort l = Ok r /\ r ≡ₚ l /\ StronglySorted bytes_le (sa_bytes <$> r).
Proof.
  intros Hl. unfold sort. destruct (length l <=? 1)%nat eqn:El.
  - exists l. split; [done|]. split; [done|]. apply Nat.leb_le in El.
    destruct l as [|a [|b l]]; simpl in *; [constructor|repeat constructor|lia].
  - rewrite (proj2 (forallb_forall _ l)).
    + eexists. split; [done|]. pose proof (merge_sort_Permutation sa_le l) as Hp. split; [done|].
      apply sorted_bytes; [by rewrite Hp|]. apply Sorted_merge_sort, _.
    + intros a Ha%list_elem_of_In. rewrite Forall_forall in Hl. specialize (Hl a Ha). by destruct a.
Qed.

Lemma unique_from_spec l : forall a, is_inet a -> Forall is_inet l ->
  StronglySorted bytes_le (sa_bytes <$> a :: l) ->
  exists r, unique_from a l = Ok r /\ r ⊆ l /\
    StronglySorted bytes_lt (sa_bytes <$> a :: r) /\
    sa_bytes <$> a :: l ⊆ sa_bytes <$> a :: r.
Proof.
  induction l as [|b l IH]; intros a Ha Hl Hs.
  { exists []. split_and!; [done|set_solver|repeat constructor|set_solver]. }
  apply Forall_cons in Hl as [Hb Hl]. cbn [unique_from]. rewrite sa_equal_bytes by done. res_simpl.
  rewrite !fmap_cons in Hs. apply StronglySorted_inv in Hs as [Hs Hf].
  pose proof Hs as Hs'. apply StronglySorted_inv in Hs' as [Hs' _].
  apply Forall_cons in Hf as [Hab Hf].
  case_bool_decide as He.
  - destruct (IH a Ha Hl) as (r & Hr & Hsub & Hss & Hsup).
    { rewrite fmap_cons. by constructor. }
    exists r. rewrite !fmap_cons in *. rewrite <- He. split_and!; [done|set_solver|done|set_solver].
  - destruct (IH b Hb Hl) as (r & -> & Hsub & Hss & Hsup); [done|].
    exists (b :: r). res_simpl. rewrite !fmap_cons in *.
    apply bytes_le_cases in Hab as [Hab|Hab]; [done|].
    split_and!; [done|set_solver| |set_solver].
    constructor; [done|]. constructor; [done|].
    apply StronglySorted_inv in Hss as [_ Hss]. eapply Forall_impl; [exact Hss|].
    intros c Hc. by apply (str_lt_trans _ (sa_bytes b)).
Qed.

Lemma sort_and_unique_bytes l : Forall is_inet l ->
  exists r, sort_and_unique l = Ok r /\ r ⊆ l /\ StronglySorted bytes_lt (sa_bytes <$> r) /\
    (forall a, a ∈ l -> sa_bytes a ∈ sa_bytes <$> r).
Proof.
  intros Hl. destruct (sort_sorts l Hl) as (k & Hk & Hp & Hs). unfold sort_and_unique. rewrite Hk. res_simpl.
  assert (Hki : Forall is_inet k) by by rewrite Hp.
  assert (Hin : forall a, a ∈ l -> sa_bytes a ∈ sa_bytes <$> k) by (intros a Ha; apply list_elem_of_fmap_2; by rewrite Hp).
  destruct k as [|a k]; [exists []; split_and!; [done|set_solver|constructor|done]|].
  apply Forall_cons in Hki as [Ha Hki]. destruct (unique_from_spec k a Ha Hki Hs) as (r & Hr & Hsub & Hss & Hsup).
  exists (a :: r). cbn [unique]. rewrite Hr. split_and!; [done| |done|auto]. intros b Hb. rewrite <- Hp. set_solver.
Qed.

(** Sorting a list of addresses and removing its duplicates always
    succeeds; the result is strictly increasing in the byte order of
    addresses, holds only addresses of the list and one that is equal to each
    of them. *)
Theorem sort_and_unique_spec l :
  Forall is_inet l ->
  exists r, sort_and_unique l = Ok r /\ r ⊆ l /\
    StronglySorted (fun a b => sa_less a b = Ok true) r /\
    (forall a, a ∈ l -> exists b, b ∈ r /\ sa_equal a b = Ok true).
Proof.
  intros Hl. destruct (sort_and_unique_bytes l Hl) as (r & Hr & Hrl & Hss & Hsup).
  assert (Hin : forall a, a ∈ l -> is_inet a) by by apply Forall_forall.
  exists r. split_and!; [done|done| |].
  - assert (Hri : Forall is_inet r) by (apply Forall_forall; auto).
    clear -Hss Hri. induction r as [|a r IH]; [constructor|].
    apply Forall_cons in Hri as [Ha Hri]. rewrite fmap_cons in Hss.
    apply StronglySorted_inv in Hss as [Hss Hf]. constructor; [by apply IH|].
    rewrite Forall_fmap in Hf. apply Forall_forall. intros b Hb.
    rewrite Forall_forall in Hf, Hri. rewrite sa_less_bytes by auto. by rewrite (Hf b Hb).
  - intros a Ha. pose proof (Hsup a Ha) as Hak. apply list_elem_of_fmap in Hak as (b & He & Hb). exists b. split; [done|].
    rewrite sa_equal_bytes by auto. f_equal. by apply bool_decide_eq_true.
Qed.

Lemma compact_entry_str s rest : is_sin s -> compact_entry (take 6 (compact_str s ++ rest)) = AF_INET s.
Proof.
  intros [Ha Hp]. unfold compact_str. rewrite take_app_length'
    by (rewrite length_app, !store_length; done).
  unfold compact_entry. rewrite take_app_length', drop_app_length' by (by rewrite store_length).
  rewrite (take_ge (store_int 2 _)) by (rewrite store_length; done).
  rewrite !load_store by done. by destruct s.
Qed.

Lemma compact_str_length s : length (compact_str s) = 6%nat.
Proof. unfold compact_str. by rewrite length_app, !store_length. Qed.

Lemma copy_entries_concat ss rest : Forall is_sin ss ->
  copy_entries compact_entry 6 (length ss) (concat (compact_str <$> ss) ++ rest) = AF_INET <$> ss.
Proof.
  induction ss as [|s ss IH]; intros Hs; [done|]. apply Forall_cons in Hs as [Hs Hss].
  rewrite !fmap_cons. cbn [length copy_entries concat]. rewrite <- app_assoc.
  rewrite compact_entry_str by done. rewrite drop_app_length' by (by rewrite compact_str_length).
  by rewrite IH.
Qed.

Lemma concat_length ss : length (concat (compact_str <$> ss)) = (6 * length ss)%nat.
Proof.
  induction ss as [|s ss IH]; [done|]. rewrite fmap_cons. cbn [concat].
  rewrite length_app, compact_str_length, IH. simpl. lia.
Qed.

(** The elements of a bencoded list of compact addresses. *)
Definition bencode_entries (ss : list sockaddr_in) : bytes :=
  concat ((fun s => 54 :: 58 :: compact_str s) <$> ss).

Lemma bencode_loop_entries ss l rest : Forall is_sin ss ->
  parse_address_bencode l (bencode_entries ss ++ rest) =
  parse_address_bencode (l ++ (AF_INET <$> ss)) rest.
Proof.
  revert l. induction ss as [|s ss IH]; intros l Hs; [by rewrite fmap_nil, app_nil_r|].
  apply Forall_cons in Hs as [Hs Hss]. unfold bencode_entries. rewrite !fmap_cons. cbn [concat].
  rewrite <- app_assoc. pose proof (compact_entry_str s [] Hs) as He.
  pose proof (compact_str_length s) as Hl. rewrite app_nil_r, take_ge in He by lia.
  destruct (compact_str s) as [|x1 [|x2 [|x3 [|x4 [|x5 [|x6 []]]]]]]; try done.
  cbn [app parse_address_bencode]. rewrite He. cbn [negb orb Z.eqb Pos.eqb].
  fold (bencode_entries ss). rewrite IH by done. by rewrite <- app_assoc.
Qed.

(** The compact string of a list of addresses, with or without a cut-off
    entry at its end, is parsed to these addresses, and so is the bencoded
    list of their compact strings, up to the first element that is none. *)
Theorem compact_roundtrip l ss rest junk :
  Forall is_sin ss -> (length rest < 6)%nat ->
  hd 0 junk <> 54 ->
  parse_address_compact l (concat (compact_str <$> ss) ++ rest) = l ++ (AF_INET <$> ss) /\
  parse_address_bencode l (bencode_entries ss ++ junk) = l ++ (AF_INET <$> ss).
Proof.
  intros Hs Hr Hj. split.
  - unfold parse_address_compact. f_equal. rewrite length_app, concat_length.
    assert (Hm : ((6 * length ss + length rest) `mod` 6 = length rest)%nat).
    { rewrite Nat.add_comm, Nat.mul_comm, Nat.Div0.mod_add. by apply Nat.mod_small. }
    rewrite Hm. replace (6 * length ss + length rest - length rest)%nat with (length ss * 6)%nat by lia.
    rewrite Nat.div_mul by done. by apply copy_entries_concat.
  - rewrite bencode_loop_entries by done.
    destruct junk as [|j0 [|j1 [|j2 [|j3 [|j4 [|j5 [|j6 [|j7 junk]]]]]]]]; try done.
    cbn [parse_address_bencode]. simpl in Hj. by rewrite (proj2 (Z.eqb_neq j0 54)).
Qed.

(** What a compact string adds, whatever its bytes: a sixth of its length in
    addresses, all of IPv4. *)
Lemma copy_entries_inet n s : Forall is_u8 s -> (6 * n <= length s)%nat ->
  Forall is_inet (copy_entries compact_entry 6 n s) /\ length (copy_entries compact_entry 6 n s) = n.
Proof.
  revert s. induction n as [|n IH]; intros s Hs Hl; [done|]. cbn [copy_entries].
  destruct (IH (drop 6 s)) as [H1 H2]; [by apply Forall_drop|rewrite length_drop; lia|].
  split; [|simpl; lia]. constructor; [|done]. split; cbn [sin_addr sin_port].
  - pose proof (load_range (take 4 (take 6 s))) as Hr. unfold zlen in Hr.
    rewrite !length_take in Hr. replace (4 `min` (6 `min` length s))%nat with 4%nat in Hr by lia.
    apply Hr. by do 2 apply Forall_take.
  - pose proof (load_range (take 2 (drop 4 (take 6 s)))) as Hr. unfold zlen in Hr.
    rewrite length_take, length_drop, length_take in Hr.
    replace (2 `min` ((6 `min` length s) - 4))%nat with 2%nat in Hr by lia.
    apply Hr. by apply Forall_take, Forall_drop, Forall_take.
Qed.

Section normal.
Variable inet_pton inet_pton6 : bytes -> option bytes.
(** [inet_pton] writes an [in_addr] or an [in6_addr]. *)
Hypothesis pton_bytes : forall s a, inet_pton s = Some a -> length a = 4%nat /\ Forall is_u8 a.
Hypothesis pton6_bytes : forall s a, inet_pton6 s = Some a -> length a = 16%nat /\ Forall is_u8 a.

(** An address that a peer can have. *)
Definition is_peer_address (sa : sockaddr) : Prop :=
  is_inet sa /\ sa_port (Some sa) <> 0 /\
  match sa with
  | AF_INET s => sin_is_any s = false
  | AF_INET6 s => sin6_is_any s = false
  | _ => False
  end.

Lemma parse_entry_spec obj : exists r, parse_entry inet_pton inet_pton6 obj = Ok r /\
  match r with Some sa => is_peer_address sa | None => True end.
Proof.
  unfold parse_entry. destruct (Object.is_map obj) eqn:Em; simpl; [|by eexists].
  destruct obj; try done. unfold Object.has_key_type, Object.get_key, Object.as_map. simpl.
  destruct (Object.map_find key_ip m) as [ip|]; simpl; [|by eexists].
  destruct (Object.type ip =? 6) eqn:Ei; simpl; [|by eexists].
  destruct (Object.map_find key_port m) as [po|]; simpl; [|by eexists].
  destruct (Object.type po =? 5) eqn:Ep; simpl; [|by eexists].
  destruct ip; try done. destruct po; try done. simpl.
  match goal with |- context [if ?b then _ else _] => destruct b eqn:Eb end; [by eexists|].
  apply orb_false_iff in Eb as [Hlo Hhi]. apply Z.leb_gt in Hlo, Hhi.
  rewrite Z.shiftl_mul_pow2 in Hhi by lia.
  assert (Hport : ntohs (htons v) <> 0) by (rewrite ntohs_htons; lia).
  destruct (inet_pton _) as [a|] eqn:Ea.
  - destruct (load_int a =? htonl INADDR_ANY) eqn:Eany; [by eexists|]. eexists. split; [done|].
    apply pton_bytes in Ea as [Hl Hb]. pose proof (load_range a Hb) as Hr. unfold zlen in Hr. rewrite Hl in Hr.
    split_and!; [split; [exact Hr|apply htons_range]|done|done].
  - destruct (inet_pton6 _) as [a|] eqn:Ea6; [|by eexists].
    destruct (IN6_IS_ADDR_UNSPECIFIED a) eqn:Eany; [by eexists|]. eexists. split; [done|].
    apply pton6_bytes in Ea6 as [Hl Hb].
    split; [split; [done|split; [done|apply htons_range]]|done].
Qed.

(** Whatever objects a tracker sends as its list of peers, parsing it
    never throws, and every address it adds is an IPv4 or IPv6 address with a
    port, and not the unspecified address. *)
Theorem parse_normal_total l b :
  exists added, parse_address_normal inet_pton inet_pton6 l b = Ok (l ++ added) /\
    Forall is_peer_address added.
Proof.
  revert l. induction b as [|obj b IH]; intros l; cbn [parse_address_normal].
  - exists []. by rewrite app_nil_r.
  - destruct (parse_entry_spec obj) as (r & -> & Hr). res_simpl.
    destruct r as [sa|].
    + destruct (IH (l ++ [sa])) as (k & -> & Hk). exists (sa :: k). rewrite <- app_assoc.
      split; [done|]. by constructor.
    + apply IH.
Qed.
End normal.
End facts.

Definition peers_example : list sockaddr := [AF_INET (mkSin 33554559 20480); AF_INET (mkSin 16777343 20480); AF_INET (mkSin 16777343 20480)].

Lemma sort_and_unique_spec_witness :
  exists r, sort_and_unique (H := true) peers_example = Ok r /\ length r = 2%nat /\
    StronglySorted (fun a b => sa_less (H := true) a b = Ok true) r.
Proof.
  destruct (sort_and_unique_spec (H := true) peers_example) as (r & Hr & _ & Hs & _).
  - repeat (constructor; [split; cbn; unfold is_u32; lia|]). constructor.
  - exists r. split_and!; [done| |done]. vm_compute in Hr. by injection Hr as <-.
Defined.

Lemma compact_roundtrip_witness :
  parse_address_compact (H := true) [] [127; 0; 0; 1; 0; 80; 127; 0] = [AF_INET (mkSin 16777343 20480)].
Proof.
  destruct (compact_roundtrip (H := true) [] [mkSin 16777343 20480] [127; 0] []) as [Hc _].
  - constructor; [split; cbn; unfold is_u32; lia|constructor].
  - simpl. lia.
  - done.
  - exact Hc.
Defined.

(** A dotted address of one digit per byte, as [inet_pton] reads it. *)
Definition pton_digits (s : bytes) : option bytes :=
  match s with
  | [a; 46; b; 46; c; 46; d] =>
      if forallb (fun x => (48 <=? x) && (x <=? 57)) [a; b; c; d]
      then Some [a - 48; b - 48; c - 48; d - 48] else None
  | _ => None
  end.

Lemma pton_digits_bytes s a : pton_digits s = Some a -> length a = 4%nat /\ Forall is_u8 a.
Proof.
  unfold pton_digits. intros Hs. repeat case_match; simplify_eq. split; [done|].
  match goal with H : forallb _ _ = true |- _ => cbn [forallb] in H end. bool_prop.
  unfold is_u8. repeat (constructor; [lia|]). constructor.
Qed.

Definition peer_object : Object.Object :=
  Object.TYPE_MAP 0 [(key_ip, Object.TYPE_STRING 0 [49; 46; 50; 46; 51; 46; 52]);
                     (key_port, Object.TYPE_VALUE 0 80)].

Lemma parse_normal_total_witness :
  exists added, parse_address_normal (H := true) pton_digits (fun _ => None) [] [peer_object; Object.TYPE_NONE 0] =
      Ok ([] ++ added) /\ Forall (is_peer_address (H := true)) added /\
    added = [AF_INET (mkSin 67305985 20480)].
Proof.
  destruct (parse_normal_total (H := true) pton_digits (fun _ => None) pton_digits_bytes
    ltac:(done) [] [peer_object; Object.TYPE_NONE 0]) as (added & H1 & H2).
  exists added. split_and!; [done|done|]. vm_compute in H1. by injection H1 as <-.
Defined.
End AddressList.
