(* ===== verification/Utils.v ===== *)
(** * Utilities (src/torrent/utils/string_manip.cc, string_manip.h,
      uri_parser.cc, option_strings.cc, extents.h)

    Module [StringManip]: hexadecimal and escaped strings, UTF-8, trimming and
    sanitising.  Module [UriParser]: the parsers of magnet links and the scrape
    url of a tracker.  Module [OptionStrings]: the names of options.  Module
    [Extents]: the table of address ranges behind the IP filter.

    A string is its bytes, as unsigned characters.  Whether [char] is signed is
    up to the platform, so where the code compares a [char] it is a parameter. *)

From S2P Require Import Prelude Object.

(** String literals. *)
Fixpoint str (s : string) : bytes :=
  match s with
  | EmptyString => []
  | String.String a s => Z.of_N (Ascii.N_of_ascii a) :: str s
  end.

Class CharSign := char_signed : bool.

(** The value of a [char] with these bits. *)
Definition char_value `{CharSign} (c : Z) : Z := if char_signed && (128 <=? c) then c - 256 else c.

Module StringManip.
Section manip.
Context `{CharSign}.

(** ** Hexadecimal digits *)

Definition hex_to_value_or_zero (c : Z) : Z :=
  if (48 <=? c) && (c <=? 57) then c - 48
  else if (65 <=? c) && (c <=? 70) then 10 + c - 65
  else if (97 <=? c) && (c <=? 102) then 10 + c - 97
  else 0.

(** The result is a [char]; -1 is 255 where characters are unsigned. *)
Definition hex_to_value_or_error (c : Z) : Z :=
  if (48 <=? c) && (c <=? 57) then c - 48
  else if (65 <=? c) && (c <=? 70) then 10 + c - 65
  else if (97 <=? c) && (c <=? 102) then 10 + c - 97
  else char_value 255.

Definition hex_digit (v : Z) : Z := if v <? 10 then 48 + v else 65 + (v - 10).
Definition value_to_hex0 (value : Z) : Z := hex_digit (Z.land value 15).
Definition value_to_hex1 (value : Z) : Z := hex_digit (Z.land (Z.shiftr value 4) 15).

(** ** Escaping *)

Definition is_html_char (c : Z) : bool :=
  ((65 <=? c) && (c <=? 90)) || ((97 <=? c) && (c <=? 122)) || ((48 <=? c) && (c <=? 57)) || (c =? 45).

Definition escape_char (c : Z) : bytes := if is_html_char c then [c] else [37; value_to_hex1 c; value_to_hex0 c].

Definition copy_escape_html_str (src : bytes) : bytes := concat (escape_char <$> src).

(** Into a destination with room for [room] characters; a character of three
    may be cut off. *)
Fixpoint copy_escape_html (src : bytes) (room : nat) : bytes :=
  match src with
  | [] => []
  | c :: src =>
    let e := escape_char c in
    if (length e <=? room)%nat then e ++ copy_escape_html src (room - length e) else take room e
  end.

(** ** Hexadecimal strings *)

Definition transform_to_hex_str (src : bytes) : bytes := concat ((fun c => [value_to_hex1 c; value_to_hex0 c]) <$> src).

Definition transform_to_hex (src : bytes) (room : nat) : res bytes :=
  _ ← throw_when (negb (length src * 2 =? room)%nat) internal_error;
  Ok (transform_to_hex_str src).

(** The number of bytes up to the returned iterator, and the bytes written to
    the destination, which is not cleared when the source is refused. *)
Fixpoint from_hex_loop (src : bytes) (room : nat) (done : bytes) : bytes * (nat * bytes) :=
  match src with
  | [] => ([], (length done, done))
  | c :: src' =>
    match room with
    | O => (src, (length done, done))
    | S room =>
      let high := hex_to_value_or_error c in
      match src' with
      | [] => ([], (length done, done))
      | d :: src' =>
        if high =? -1 then ([], (0%nat, done))
        else
          let low := hex_to_value_or_error d in
          if low =? -1 then ([], (0%nat, done))
          else from_hex_loop src' room (done ++ [u8 (Z.shiftl high 4 + low)])
      end
    end
  end.

Definition transform_from_hex (src : bytes) (room : nat) : nat * bytes :=
  let '(rest, r) := from_hex_loop src room [] in
  match rest with [] => r | _ => (0%nat, snd r) end.

(** ** UTF-8 *)

(** The number of bytes a leading byte announces. *)
Definition utf8_length (byte : Z) : option nat :=
  if Z.land byte 128 =? 0 then Some 1%nat
  else if Z.land byte 224 =? 192 then Some 2%nat
  else if Z.land byte 240 =? 224 then Some 3%nat
  else if Z.land byte 248 =? 240 then Some 4%nat
  else None.

(** [num - 1] continuation bytes. *)
Fixpoint skip_continuation (n : nat) (l : bytes) : option bytes :=
  match n with
  | O => Some l
  | S n =>
    match l with
    | [] => None
    | c :: l => if Z.land c 192 =? 128 then skip_continuation n l else None
    end
  end.

(** Each turn consumes a byte, so the length of the string is enough fuel. *)
Fixpoint utf8_loop (fuel : nat) (l : bytes) : res bool :=
  match l with
  | [] => Ok true
  | byte :: l =>
    match fuel with
    | O => UB
    | S fuel =>
      match utf8_length byte with
      | None => Ok false
      | Some num =>
        match skip_continuation (num - 1) l with
        | None => Ok false
        | Some l => utf8_loop fuel l
        end
      end
    end
  end.
Definition is_valid_utf8 (s : bytes) : res bool := utf8_loop (length s) s.

(** ** Trimming and sanitising *)

Definition is_space (c : Z) : bool :=
  (c =? 32) || (c =? 9) || (c =? 10) || (c =? 13) || (c =? 12) || (c =? 11).

Definition trim_spaces (s : bytes) : bytes :=
  let first := snd (find_split (fun c => negb (is_space c)) s) in
  rev (snd (find_split (fun c => negb (is_space c)) (rev first))).

Definition unprintable_char (c : Z) : bool := (char_value c <? 32) || (126 <? char_value c).
Definition is_line_space (c : Z) : bool := (c =? 10) || (c =? 13) || (c =? 9).
Definition escape_code (c : Z) : bytes := [37; value_to_hex1 c; value_to_hex0 c].

Definition string_with_escape_codes (s : bytes) : bytes :=
  concat ((fun c => if unprintable_char c then escape_code c else [c]) <$> s).

Fixpoint sanitize_loop (unprintable space : bool) (s : bytes) : bytes :=
  match s with
  | [] => []
  | c :: s =>
    if unprintable_char c then
      if is_line_space c then
        (if negb space && negb unprintable then [32] else []) ++ sanitize_loop unprintable true s
      else (if negb unprintable then [42] else []) ++ sanitize_loop true false s
    else c :: sanitize_loop false false s
  end.
Definition sanitize_string (s : bytes) : bytes := trim_spaces (sanitize_loop false false s).

Fixpoint sanitize_codes_loop (space : bool) (s : bytes) : bytes :=
  match s with
  | [] => []
  | c :: s =>
    if unprintable_char c then
      if is_line_space c then (if negb space then [32] else []) ++ sanitize_codes_loop true s
      else escape_code c ++ sanitize_codes_loop false s
    else c :: sanitize_codes_loop false s
  end.
Definition sanitize_string_with_escape_codes (s : bytes) : bytes := trim_spaces (sanitize_codes_loop false s).

Fixpoint strip_tags (in_tag : bool) (s : bytes) : bytes :=
  match s with
  | [] => []
  | c :: s =>
    if c =? 62 then strip_tags false s
    else if in_tag || (c =? 60) then strip_tags true s
    else c :: strip_tags false s
  end.
Definition sanitize_string_with_tags (s : bytes) : bytes :=
  let sanitized := sanitize_string s in
  let result := trim_spaces (strip_tags false sanitized) in
  match result with [] => trim_spaces sanitized | _ => result end.
End manip.
End StringManip.

(** ** URIs *)
Module UriParser.
Import StringManip.

Definition is_alnum (c : Z) : bool :=
  ((65 <=? c) && (c <=? 90)) || ((97 <=? c) && (c <=? 122)) || ((48 <=? c) && (c <=? 57)).
(** Letters, digits and -_.~ *)
Definition is_unreserved_uri_char (c : Z) : bool :=
  is_alnum c || (c =? 45) || (c =? 95) || (c =? 46) || (c =? 126).
(** Also :&=/% *)
Definition is_valid_uri_query_char (c : Z) : bool :=
  is_alnum c || (c =? 45) || (c =? 95) || (c =? 46) || (c =? 126)
  || (c =? 58) || (c =? 38) || (c =? 61) || (c =? 47) || (c =? 37).
(** Without & *)
Definition is_unreserved_uri_query_char (c : Z) : bool :=
  is_alnum c || (c =? 45) || (c =? 95) || (c =? 46) || (c =? 126)
  || (c =? 58) || (c =? 61) || (c =? 47) || (c =? 37).

Inductive state_enum := state_empty | state_valid | state_invalid.

Record uri_state := Uri { u_state : state_enum; u_uri : bytes; u_scheme : bytes; u_resource : bytes; u_query : bytes; u_fragment : bytes }.
Record uri_query_state := Query { q_state : state_enum; q_query : bytes; q_elements : list bytes }.

Definition set_state (st : state_enum) (s : uri_state) : uri_state :=
  Uri st (u_uri s) (u_scheme s) (u_resource s) (u_query s) (u_fragment s).
Definition set_scheme (v : bytes) (s : uri_state) : uri_state :=
  Uri (u_state s) (u_uri s) v (u_resource s) (u_query s) (u_fragment s).
Definition set_resource (v : bytes) (s : uri_state) : uri_state :=
  Uri (u_state s) (u_uri s) (u_scheme s) v (u_query s) (u_fragment s).
Definition set_query (v : bytes) (s : uri_state) : uri_state :=
  Uri (u_state s) (u_uri s) (u_scheme s) (u_resource s) v (u_fragment s).

(** [uri_string_copy_until] with the negation of [ok]: what is copied, and the
    rest. *)
Definition uri_string_copy_until (ok : Z -> bool) (l : bytes) : bytes * bytes := find_split (fun c => negb (ok c)) l.

(** The state is passed by reference, so it is seen after an error too; every
    error is an [uri_error], which is an [input_error]. *)
Definition uri_parse_str (uri : bytes) (s : uri_state) : uri_state * res unit :=
  match u_state s with
  | state_empty =>
    let s := Uri state_invalid uri (u_scheme s) (u_resource s) (u_query s) (u_fragment s) in
    let '(scheme, first) := uri_string_copy_until is_unreserved_uri_char uri in
    let s := set_scheme scheme s in
    match first with
    | [] => (set_state state_valid s, Ok tt)
    | c :: first =>
      if negb (c =? 58) then (s, Throw input_error)
      else
        let '(resource, first) := uri_string_copy_until is_unreserved_uri_char first in
        let s := set_resource resource s in
        match first with
        | [] => (set_state state_valid s, Ok tt)
        | c :: first =>
          if negb (c =? 63) then (s, Throw input_error)
          else
            let '(query, first) := uri_string_copy_until is_valid_uri_query_char first in
            let s := set_query query s in
            match first with
            | [] => (set_state state_valid s, Ok tt)
            | c :: _ =>
              if negb (c =? 35) then (s, Throw input_error) else (set_state state_valid s, Ok tt)
            end
        end
    end
  | _ => (s, Throw input_error)
  end.

(** The loop over the elements; each turn but the last consumes an ampersand,
    so the length of the query is enough fuel. *)
Fixpoint query_loop (fuel : nat) (l : bytes) (elements : list bytes) : list bytes * res unit :=
  match l with
  | [] => (elements, Ok tt)
  | _ =>
    match fuel with
    | O => (elements, UB)
    | S fuel =>
      let '(element, first) := uri_string_copy_until is_unreserved_uri_query_char l in
      match first with
      | [] => (elements ++ [element], Ok tt)
      | c :: first =>
        if negb (c =? 38) then (elements, Throw input_error) else query_loop fuel first (elements ++ [element])
      end
    end
  end.

Definition uri_parse_query_str (query : bytes) (s : uri_query_state) : uri_query_state * res unit :=
  match q_state s with
  | state_empty =>
    let '(elements, r) := query_loop (length query) query (q_elements s) in
    (Query (match r with Ok _ => state_valid | _ => state_invalid end) query elements, r)
  | _ => (s, Throw input_error)
  end.

(** ** Scraping *)

(** [rfind]: the string before the last occurrence of a character, and the
    string from it on. *)
Fixpoint rfind_split (ch : Z) (l : bytes) : option (bytes * bytes) :=
  match l with
  | [] => None
  | c :: l' =>
    match rfind_split ch l' with
    | Some (pre, post) => Some (c :: pre, post)
    | None => if c =? ch then Some ([], l) else None
    end
  end.

Definition announce : bytes := str "/announce".
Definition scrape : bytes := str "/scrape".

(** [uri.find("/announce", delim) == delim] *)
Definition announce_at (post : bytes) : bool := str_eqb (take (length announce) post) announce.

Definition uri_can_scrape (uri : bytes) : bool :=
  match rfind_split 47 uri with
  | None => false
  | Some (_, post) => announce_at post
  end.

Definition uri_generate_scrape_url (uri : bytes) : res bytes :=
  match rfind_split 47 uri with
  | None => Throw input_error
  | Some (pre, post) =>
    _ ← throw_when (negb (announce_at post)) input_error;
    Ok (pre ++ scrape ++ drop (length announce) post)
  end.

Definition uri_has_query (uri : bytes) : bool :=
  match rfind_split 63 uri with
  | None => false
  | Some (_, post) => negb (existsb (fun c => c =? 47) post)
  end.

Definition uri_escape_html (src : bytes) : bytes := copy_escape_html_str src.
End UriParser.

(** ** Names of options *)
Module OptionStrings.

(** The lists of pairs and the lists of names, in the order of [option_enum]. *)
Definition option_pair_lists : list (list (bytes * Z)) := [
  [(str "leech", 0); (str "seed", 1); (str "initial_seed", 2); (str "metadata", 3)];
  [(str "upload_leech", 0); (str "upload_leech_experimental", 2); (str "upload_seed", 1);
   (str "download_leech", 3); (str "invalid", 4)];
  [(str "download_leech", 3)];
  [(str "upload_leech", 0); (str "upload_leech_experimental", 2); (str "upload_seed", 1)];
  [(str "deny", 0); (str "allow", 1); (str "prefer", 2); (str "require", 3)];
  [(str "handshake_deny", 0); (str "handshake_allow", 1); (str "handshake_prefer", 2); (str "handshake_require", 3)];
  [(str "stream_deny", 0); (str "stream_allow", 1); (str "stream_prefer", 2); (str "stream_require", 3)];
  [(str "unwanted", 32); (str "preferred", 64)];
  [(str "default", 0); (str "lowdelay", 16); (str "throughput", 8); (str "reliability", 4)];
  [(str "normal", 0); (str "aggressive", 1)] ].

Definition option_single_lists : list (list bytes) := [
  str <$> ["none"; "incoming"; "outgoing_normal"; "outgoing_encrypted"; "outgoing_proxy"; "success"; "dropped";
    "failed"; "retry_plaintext"; "retry_encrypted"]%string;
  str <$> ["critical"; "error"; "warn"; "notice"; "info"; "debug";
    "storage_critical"; "storage_error"; "storage_warn"; "storage_notice"; "storage_info"; "storage_debug";
    "torrent_critical"; "torrent_error"; "torrent_warn"; "torrent_notice"; "torrent_info"; "torrent_debug";
    "__non_cascading__";
    "connection"; "connection_bind"; "connection_fd"; "connection_filter"; "connection_handshake"; "connection_listen";
    "dht"; "dht_all"; "dht_error"; "dht_controller"; "dht_node"; "dht_router"; "dht_server";
    "instrumentation_memory"; "instrumentation_mincore"; "instrumentation_choke"; "instrumentation_polling";
    "instrumentation_transfers";
    "mock_calls"; "net_dns"; "net_http"; "net_socket";
    "peer_choke_queue"; "peer_list_events"; "peer_list_address";
    "protocol_piece_events"; "protocol_metadata_events"; "protocol_network_errors"; "protocol_storage_errors";
    "resume_data"; "rpc_events"; "rpc_dump"; "session_events"; "storage";
    "system"; "system_poll"; "system_thread"; "tracker_dump"; "tracker_events"; "tracker_requests"; "ui_events"]%string;
  str <$> ["generic"; "http"; "internal"; "rpc"; "files"]%string;
  str <$> ["updated"; "completed"; "started"; "stopped"; "scrape"]%string ].

Definition OPTION_START_COMPACT : nat := 10.
Definition OPTION_MAX_SIZE : nat := 14.

Fixpoint find_pair_name (name : bytes) (l : list (bytes * Z)) : option Z :=
  match l with
  | [] => None
  | (n, v) :: l => if str_eqb n name then Some v else find_pair_name name l
  end.
Fixpoint find_pair_value (value : Z) (l : list (bytes * Z)) : option bytes :=
  match l with
  | [] => None
  | (n, v) :: l => if v =? value then Some n else find_pair_value value l
  end.
Fixpoint find_name (name : bytes) (pos : Z) (l : list bytes) : option Z :=
  match l with
  | [] => None
  | n :: l => if str_eqb n name then Some pos else find_name name (pos + 1) l
  end.

Definition of_found {A} (o : option A) : res A := match o with Some a => Ok a | None => Throw input_error end.

Definition option_find_string (opt : nat) (name : bytes) : res Z :=
  if (opt <? OPTION_START_COMPACT)%nat then
    l ← of_deref (option_pair_lists !! opt); of_found (find_pair_name name l)
  else if (opt <? OPTION_MAX_SIZE)%nat then
    l ← of_deref (option_single_lists !! (opt - OPTION_START_COMPACT)%nat); of_found (find_name name 0 l)
  else Throw input_error.

(** [None] is the [not_found] of the caller. *)
Definition option_to_c_str (opt : nat) (value : Z) : res (option bytes) :=
  if (opt <? OPTION_START_COMPACT)%nat then
    l ← of_deref (option_pair_lists !! opt); Ok (find_pair_value value l)
  else if (opt <? OPTION_MAX_SIZE)%nat then
    l ← of_deref (option_single_lists !! (opt - OPTION_START_COMPACT)%nat);
    Ok (if value <? zlen l then zlookup l value else None)
  else Ok None.

Definition option_to_c_str_or_throw (opt : nat) (value : Z) : res bytes :=
  r ← option_to_c_str opt value; of_found r.

Definition option_list_strings (opt : nat) : res Object.Object :=
  if (opt <? OPTION_START_COMPACT)%nat then
    l ← of_deref (option_pair_lists !! opt);
    Ok (Object.TYPE_LIST 0 ((fun '(n, _) => Object.TYPE_STRING 0 n) <$> l))
  else if (opt <? OPTION_MAX_SIZE)%nat then
    l ← of_deref (option_single_lists !! (opt - OPTION_START_COMPACT)%nat);
    Ok (Object.TYPE_LIST 0 (Object.TYPE_STRING 0 <$> l))
  else Ok (Object.TYPE_LIST 0 []).
End OptionStrings.

(** ** Ranges of addresses *)
Module Extents.

(** [std::map] from the first address of a range to its last and its value, as
    the sorted list of its entries. *)
Abbreviation table := (list (Z * (Z * Z))).

(** [upper_bound(address_start)], moved back by one unless it is [begin()]: the
    entries before the iterator and those from it on. *)
Definition start_iter (a : Z) (t : table) : table * table :=
  let '(pre, post) := find_split (fun e => a <? fst e) t in
  match last pre with
  | None => (pre, post)
  | Some e => (removelast pre, e :: post)
  end.

(** The loops test [iter->first] before they compare [iter] with [end()]. *)
Fixpoint insert_loop (s e v : Z) (pre post : table) (ignore : bool) : res (table * bool) :=
  match post with
  | [] => UB
  | (k, (hi, w)) :: post' =>
    if k <=? e then
      let do_delete_due_to_overlap := (k <=? e) && (s <=? hi) && negb (w =? v) in
      let do_delete_due_to_total_overlap := (s <=? k) && (hi <=? e) in
      if do_delete_due_to_overlap || do_delete_due_to_total_overlap then insert_loop s e v pre post' ignore
      else
        let ignore := match post' with
                      | (k2, (hi2, _)) :: _ => ignore || ((k2 <=? s) && (e <=? hi2))
                      | [] => ignore
                      end in
        insert_loop s e v (pre ++ [(k, (hi, w))]) post' ignore
    else Ok (pre ++ post, ignore)
  end.

(** [std::map::insert], which keeps an entry of the same key. *)
Fixpoint map_insert (k : Z) (x : Z * Z) (t : table) : table :=
  match t with
  | [] => [(k, x)]
  | (k', x') :: t' =>
    if k <? k' then (k, x) :: t
    else if k =? k' then t
    else (k', x') :: map_insert k x t'
  end.

Definition insert (s e v : Z) (t : table) : res table :=
  let '(pre, post) := start_iter s t in
  '(t, ignore) ← insert_loop s e v pre post false;
  Ok (if ignore : bool then t else map_insert s (e, v) t).

Fixpoint defined_loop (s e : Z) (post : table) (found : option Z) : res (option Z) :=
  match post with
  | [] => UB
  | (k, (hi, _)) :: post =>
    if (k <=? e) && negb (bool_decide (is_Some found)) then
      defined_loop s e post (if (k <=? e) && (s <=? hi) then Some k else found)
    else Ok found
  end.

Definition find_range (s e : Z) (t : table) : res (option Z) := defined_loop s e (snd (start_iter s t)) None.

Definition defined (s e : Z) (t : table) : res bool := k ← find_range s e t; Ok (bool_decide (is_Some k)).
Definition get_matching_key (s e : Z) (t : table) : res Z :=
  k ← find_range s e t; match k with Some k => Ok k | None => Throw out_of_range end.

Fixpoint map_at (k : Z) (t : table) : res (Z * Z) :=
  match t with
  | [] => Throw out_of_range
  | (k', x) :: t => if k =? k' then Ok x else map_at k t
  end.
Definition at_ (s e : Z) (t : table) : res Z := k ← get_matching_key s e t; x ← map_at k t; Ok (snd x).

Definition sizeof_data (t : table) : Z := u32 (12 * zlen t).
End Extents.

(** ** What the string functions guarantee *)
Module StringFacts.
Import StringManip.
Section facts.
Context `{CharSign}.

Lemma hex0_value c : 0 <= c < 256 -> Z.land c 15 = c mod 16.
Proof. intros _. exact (Z.land_ones c 4 ltac:(lia)). Qed.

Lemma hex1_value c : 0 <= c < 256 -> Z.land (Z.shiftr c 4) 15 = c / 16.
Proof.
  intros Hc. rewrite Z.shiftr_div_pow2 by lia. change (2 ^ 4) with 16.
  change 15 with (Z.ones 4). rewrite (Z.land_ones (c / 16) 4 ltac:(lia)). apply Z.mod_small. split; [apply Z.div_pos; lia|].
  apply Z.div_lt_upper_bound; lia.
Qed.

Lemma hex_digit_value v : 0 <= v < 16 -> hex_to_value_or_error (hex_digit v) = v.
Proof.
  intros Hv. unfold hex_digit, hex_to_value_or_error. destruct (v <? 10) eqn:E; bool_prop.
  - rewrite (proj2 (Z.leb_le 48 _)), (proj2 (Z.leb_le _ 57)) by lia. cbn. lia.
  - rewrite (proj2 (Z.leb_gt (65 + (v - 10)) 57)), andb_false_r by lia.
    rewrite (proj2 (Z.leb_le 65 _)), (proj2 (Z.leb_le _ 70)) by lia. cbn. lia.
Qed.

Lemma hex_digit_range v : 0 <= v < 16 -> 48 <= hex_digit v <= 70 /\ hex_digit v <> 62.
Proof. intros Hv. unfold hex_digit. destruct (v <? 10) eqn:E; bool_prop; lia. Qed.

Lemma hex_pair c : is_u8 c -> hex_to_value_or_error (value_to_hex1 c) = c / 16 /\ hex_to_value_or_error (value_to_hex0 c) = c mod 16.
Proof.
  intros Hc. unfold is_u8 in Hc. unfold value_to_hex1, value_to_hex0. rewrite (hex1_value c), (hex0_value c) by lia.
  split; apply hex_digit_value; [|apply Z.mod_pos_bound; lia].
  split; [apply Z.div_pos; lia|apply Z.div_lt_upper_bound; lia].
Qed.

Lemma hex_byte c : is_u8 c -> u8 (Z.shiftl (c / 16) 4 + c mod 16) = c.
Proof.
  intros Hc. rewrite Z.shiftl_mul_pow2 by lia. change (2 ^ 4) with 16. rewrite Z.mul_comm, <- Z.div_mod by lia.
  by apply u8_small.
Qed.

Lemma from_hex_loop_to_hex l done n : Forall is_u8 l -> (length l <= n)%nat ->
  from_hex_loop (transform_to_hex_str l) n done = ([], (length (done ++ l), done ++ l)).
Proof.
  intros Hl. revert done n. induction Hl as [|c l Hc Hl IH]; intros done n Hn; [by rewrite app_nil_r|].
  destruct n as [|n]; [cbn in Hn; lia|]. destruct (hex_pair c Hc) as [H1 H0]. cbn [transform_to_hex_str fmap list_fmap concat app from_hex_loop].
  rewrite H1, H0. rewrite (proj2 (Z.eqb_neq (c / 16) _)), (proj2 (Z.eqb_neq (c mod 16) _)).
  - rewrite hex_byte by done. fold (transform_to_hex_str l). rewrite IH by (cbn in Hn; lia). by rewrite <- app_assoc.
  - pose proof (Z.mod_pos_bound c 16). lia.
  - pose proof (Z.div_pos c 16). unfold is_u8 in Hc. lia.
Qed.

(** A string of bytes survives the trip through its hexadecimal form. *)
Theorem hex_roundtrip l : Forall is_u8 l ->
  transform_to_hex l (length l * 2) = Ok (transform_to_hex_str l) /\
  length (transform_to_hex_str l) = (length l * 2)%nat /\
  transform_from_hex (transform_to_hex_str l) (length l) = (length l, l).
Proof.
  intros Hl. split_and!.
  - unfold transform_to_hex. by rewrite Nat.eqb_refl.
  - induction l as [|c l IH]; [done|]. apply Forall_cons in Hl as [_ Hl]. cbn. specialize (IH Hl). unfold transform_to_hex_str in IH. lia.
  - unfold transform_from_hex. by rewrite from_hex_loop_to_hex.
Qed.

(** Reference: decoding of %XX. *)
Fixpoint unescape (l : bytes) : bytes :=
  match l with
  | [] => []
  | c :: l' =>
    if c =? 37 then
      match l' with
      | h :: k :: l'' => (16 * hex_to_value_or_zero h + hex_to_value_or_zero k) :: unescape l''
      | _ => []
      end
    else c :: unescape l'
  end.

Lemma hex_value_zero c : hex_to_value_or_error c <> char_value 255 -> hex_to_value_or_zero c = hex_to_value_or_error c.
Proof. unfold hex_to_value_or_error, hex_to_value_or_zero. repeat case_match; done. Qed.

Lemma char_value_255 : char_value 255 = -1 \/ char_value 255 = 255.
Proof. unfold char_value. destruct char_signed; [by left|by right]. Qed.

Lemma hex_pair_zero c : is_u8 c -> 16 * hex_to_value_or_zero (value_to_hex1 c) + hex_to_value_or_zero (value_to_hex0 c) = c.
Proof.
  intros Hc. destruct (hex_pair c Hc) as [H1 H0]. unfold is_u8 in Hc.
  pose proof (Z.mod_pos_bound c 16 ltac:(lia)). pose proof (Z.div_pos c 16 ltac:(lia) ltac:(lia)).
  assert (c / 16 < 16) by (apply Z.div_lt_upper_bound; lia).
  rewrite !hex_value_zero, H1, H0; [symmetry; apply Z.div_mod; lia|..]; rewrite ?H0, ?H1; destruct char_value_255 as [-> | ->]; lia.
Qed.

(** An escaped string holds only letters, digits, - and %, and decodes to the
    string it was made of. *)
Theorem escape_decodes l : Forall is_u8 l ->
  unescape (copy_escape_html_str l) = l /\
  Forall (fun c => is_html_char c = true \/ c = 37) (copy_escape_html_str l).
Proof.
  induction 1 as [|c l Hc Hl [IH1 IH2]]; [split; constructor|].
  unfold copy_escape_html_str in *. cbn [fmap list_fmap concat]. unfold escape_char at 1 3. destruct (is_html_char c) eqn:E.
  - cbn [app unescape]. split; [|constructor; [by left|done]]. rewrite IH1.
    destruct (c =? 37) eqn:E2; [|done]. bool_prop. subst c. done.
  - cbn [app unescape Z.eqb Pos.eqb]. rewrite IH1, (hex_pair_zero c Hc). split; [done|].
    unfold is_u8 in Hc. unfold value_to_hex1, value_to_hex0. rewrite (hex1_value c), (hex0_value c) by lia.
    assert (Hd : forall v, 0 <= v < 16 -> is_html_char (hex_digit v) = true).
    { intros v Hv. unfold hex_digit, is_html_char. destruct (v <? 10) eqn:Ev; bool_prop.
      - rewrite (proj2 (Z.leb_le 48 _)), (proj2 (Z.leb_le _ 57)) by lia. by rewrite !orb_true_r.
      - rewrite (proj2 (Z.leb_le 65 _)), (proj2 (Z.leb_le _ 90)) by lia. done. }
    apply Forall_cons; split; [by right|]. apply Forall_cons; split; [left; apply Hd|]. 2: apply Forall_cons; split; [left; apply Hd|done].
    + split; [apply Z.div_pos; lia|apply Z.div_lt_upper_bound; lia].
    + apply Z.mod_pos_bound. lia.
Qed.

(** Escaping into a range writes what fits of the escaped string. *)
Theorem escape_into_range l room : copy_escape_html l room = take room (copy_escape_html_str l).
Proof.
  revert room. induction l as [|c l IH]; intros room; [by destruct room|].
  unfold copy_escape_html_str. cbn [copy_escape_html fmap list_fmap concat]. fold (copy_escape_html_str l).
  destruct (length (escape_char c) <=? room)%nat eqn:E.
  - apply Nat.leb_le in E. rewrite take_app_ge by lia. by rewrite IH.
  - apply Nat.leb_gt in E. by rewrite take_app_le by lia.
Qed.

(** Reference: well-formed sequences of leading and continuation bytes. *)
Inductive utf8 : bytes -> Prop :=
  | utf8_nil : utf8 []
  | utf8_cons b cs l : utf8_length b = Some (S (length cs)) ->
      Forall (fun c => Z.land c 192 = 128) cs -> utf8 l -> utf8 (b :: cs ++ l).

Lemma utf8_length_pos b n : utf8_length b = Some n -> exists k, n = S k.
Proof. unfold utf8_length. intros Hn. repeat case_match; simplify_eq; eauto. Qed.

Lemma skip_continuation_spec n l r : skip_continuation n l = Some r <->
  exists cs, l = cs ++ r /\ length cs = n /\ Forall (fun c => Z.land c 192 = 128) cs.
Proof.
  revert l. induction n as [|n IH]; intros l; cbn.
  - split; [intros [= ->]; exists []; split_and!; [done..|constructor]|intros ([|] & -> & ? & _); done].
  - destruct l as [|c l]; [split; [done|intros ([|] & ? & ? & _); done]|].
    destruct (Z.land c 192 =? 128) eqn:E; bool_prop.
    + rewrite IH. split.
      * intros (cs & -> & <- & Hcs). exists (c :: cs). split_and!; [done..|by constructor].
      * intros ([|c' cs] & Hl & Hlen & Hcs); [done|]. injection Hl as <- ->. injection Hlen as <-.
        apply Forall_cons in Hcs as [_ Hcs]. eauto.
    + split; [done|]. intros ([|c' cs] & Hl & Hlen & Hcs); [done|]. injection Hl as <- ->. by apply Forall_cons in Hcs as [? _].
Qed.

Lemma utf8_inv b m : utf8 (b :: m) ->
  exists cs l, m = cs ++ l /\ utf8_length b = Some (S (length cs)) /\ Forall (fun c => Z.land c 192 = 128) cs /\ utf8 l.
Proof. inversion 1; subst; eauto 10. Qed.

Lemma utf8_loop_spec fuel l : (length l <= fuel)%nat ->
  exists b, utf8_loop fuel l = Ok b /\ (b = true <-> utf8 l).
Proof.
  revert l. induction fuel as [|fuel IH]; intros [|b l] Hl; cbn in Hl; try lia;
    [exists true; split; [done|]; split; [constructor|done]..|].
  cbn [utf8_loop]. destruct (utf8_length b) as [num|] eqn:En.
  - destruct (utf8_length_pos b num En) as [k ->]. cbn [Nat.sub]. rewrite Nat.sub_0_r.
    destruct (skip_continuation k l) as [r|] eqn:Es.
    + apply skip_continuation_spec in Es as (cs & -> & <- & Hcs). rewrite length_app in Hl.
      destruct (IH r) as (x & -> & Hx); [lia|]. exists x. split; [done|]. rewrite Hx. split; [by constructor|].
      intros (cs' & l' & Heq & Hb' & Hcs' & Hl')%utf8_inv. rewrite En in Hb'. injection Hb' as Hlen.
      apply app_inj_1 in Heq as [_ ->]; done.
    + exists false. split; [done|]. split; [done|]. intros (cs' & l' & -> & Hb' & Hcs' & Hl')%utf8_inv.
      rewrite En in Hb'. injection Hb' as ->.
      rewrite (proj2 (skip_continuation_spec (length cs') (cs' ++ l') l')) in Es; [done|eauto].
  - exists false. split; [done|]. split; [done|]. intros (cs' & l' & _ & Hb' & _)%utf8_inv. congruence.
Qed.

(** The UTF-8 check always ends and accepts exactly the sequences of leading
    bytes with as many continuation bytes as they announce. *)
Theorem utf8_check_exact s : exists b, is_valid_utf8 s = Ok b /\ (b = true <-> utf8 s).
Proof. by apply utf8_loop_spec. Qed.

(** *** Sanitised strings *)

Definition printable (c : Z) : Prop := 32 <= c <= 126.

Lemma printable_char c : 0 <= c < 256 -> unprintable_char c = false <-> printable c.
Proof.
  intros Hc. unfold unprintable_char, char_value, printable.
  destruct char_signed, (128 <=? c) eqn:E; cbn [andb]; bool_prop; rewrite orb_false_iff, !Z.ltb_ge; lia.
Qed.

Lemma sanitize_loop_printable u s l : Forall is_u8 l -> Forall printable (sanitize_loop u s l).
Proof.
  intros Hl. revert u s. induction Hl as [|c l Hc Hl IH]; intros u s; [constructor|]. cbn [sanitize_loop]. unfold is_u8 in Hc.
  destruct (unprintable_char c) eqn:E.
  - destruct (is_line_space c); apply Forall_app; (split; [|apply IH]);
      [destruct (negb s && negb u)|destruct (negb u)]; repeat constructor; unfold printable; lia.
  - constructor; [|apply IH]. apply printable_char; [lia|done].
Qed.

Lemma sanitize_loop_fixed l : Forall printable l -> sanitize_loop false false l = l.
Proof.
  induction 1 as [|c l Hc Hl IH]; [done|]. cbn. unfold printable in Hc.
  rewrite (proj2 (printable_char c ltac:(lia))) by done. by rewrite IH.
Qed.

(** The string without the spaces at both ends. *)
Lemma trim_spaces_spec s : exists a b, s = a ++ trim_spaces s ++ b /\
  Forall (fun c => is_space c = true) a /\ Forall (fun c => is_space c = true) b /\
  match trim_spaces s with
  | [] => True
  | c :: _ => is_space c = false
  end /\ match rev (trim_spaces s) with [] => True | c :: _ => is_space c = false end.
Proof.
  unfold trim_spaces. set (p := fun c => negb (is_space c)).
  pose proof (find_split_app p s) as E1. pose proof (find_split_pre p s) as P1. pose proof (find_split_post p s) as Q1.
  destruct (find_split p s) as [a m]. cbn [fst snd] in *.
  pose proof (find_split_app p (rev m)) as E2. pose proof (find_split_pre p (rev m)) as P2. pose proof (find_split_post p (rev m)) as Q2.
  destruct (find_split p (rev m)) as [b r]. cbn [fst snd] in *.
  assert (Em : m = rev r ++ rev b) by (rewrite <- rev_app_distr, E2, rev_involutive; done).
  assert (Hsp : forall x, Forall (fun c => p c = false) x -> Forall (fun c => is_space c = true) x).
  { intros x Hx. eapply Forall_impl; [exact Hx|]. intros c Hc. unfold p in Hc. by apply negb_false_iff. }
  exists a, (rev b). split_and!.
  - by rewrite <- E1, Em.
  - by apply Hsp.
  - apply Hsp. apply Forall_rev. done.
  - destruct (rev r) as [|c k] eqn:Er; [done|]. rewrite Em in Q1. specialize (Q1 c (k ++ rev b) eq_refl).
    unfold p in Q1. by apply negb_true_iff.
  - rewrite rev_involutive. destruct r as [|c k]; [done|]. specialize (Q2 c k eq_refl). unfold p in Q2. by apply negb_true_iff.
Qed.

Lemma trim_spaces_fixed s :
  match s with [] => True | c :: _ => is_space c = false end ->
  match rev s with [] => True | c :: _ => is_space c = false end -> trim_spaces s = s.
Proof.
  intros H1 H2. unfold trim_spaces. assert (E : snd (find_split (fun c => negb (is_space c)) s) = s).
  { destruct s as [|c s]; [done|]. cbn. by rewrite H1. }
  rewrite E. destruct (rev s) as [|c k] eqn:Er.
  - cbn. by rewrite <- (rev_involutive s), Er.
  - cbn. rewrite H2. cbn [negb snd]. by rewrite <- Er, rev_involutive.
Qed.

(** A sanitised string is printable, neither begins nor ends with a space, and
    is not changed by sanitising it again. *)
Theorem sanitize_printable s : Forall is_u8 s ->
  Forall printable (sanitize_string s) /\ sanitize_string (sanitize_string s) = sanitize_string s.
Proof.
  intros Hs. pose proof (sanitize_loop_printable false false s Hs) as Hp. unfold sanitize_string.
  destruct (trim_spaces_spec (sanitize_loop false false s)) as (a & b & E & _ & _ & H1 & H2).
  assert (Hq : Forall printable (trim_spaces (sanitize_loop false false s))).
  { rewrite E in Hp. apply Forall_app in Hp as [_ Hp]. by apply Forall_app in Hp as [Hp _]. }
  split; [done|]. rewrite (sanitize_loop_fixed _ Hq). by apply trim_spaces_fixed.
Qed.
End facts.
End StringFacts.

(** Where characters are unsigned, -1 is not recognised and any string is taken
    for hexadecimal. *)
Example unsigned_hex_unchecked :
  StringManip.transform_from_hex (H := true) (str "zz") 1 = (0%nat, []) /\
  StringManip.transform_from_hex (H := false) (str "zz") 1 = (1%nat, [239]).
Proof. split; vm_compute; done. Qed.

Lemma hex_roundtrip_witness : StringManip.transform_from_hex (H := true) (str "00FF2A") 3 = (3%nat, [0; 255; 42]).
Proof.
  destruct (StringFacts.hex_roundtrip (H := true) [0; 255; 42]) as (_ & _ & E); [repeat constructor; unfold is_u8; lia|].
  exact E.
Defined.

(** ** What the URI functions guarantee *)
Module UriFacts.
Import UriParser.

Lemma find_split_all {A} (p : A -> bool) l c r : Forall (fun a => p a = false) l -> p c = true ->
  find_split p (l ++ c :: r) = (l, c :: r).
Proof. intros Hl Hc. induction Hl as [|a l Ha Hl IH]; cbn; [by rewrite Hc|]. by rewrite Ha, IH. Qed.

Lemma find_split_none {A} (p : A -> bool) l : Forall (fun a => p a = false) l -> find_split p l = (l, []).
Proof. induction 1 as [|a l Ha Hl IH]; [done|]. cbn. by rewrite Ha, IH. Qed.

Lemma copy_until_stop ok l c r : Forall (fun a => ok a = true) l -> ok c = false ->
  uri_string_copy_until ok (l ++ c :: r) = (l, c :: r).
Proof.
  intros Hl Hc. apply find_split_all; [|by rewrite Hc]. eapply Forall_impl; [exact Hl|]. intros a Ha. by rewrite Ha.
Qed.

Lemma copy_until_end ok l : Forall (fun a => ok a = true) l -> uri_string_copy_until ok l = (l, []).
Proof. intros Hl. apply find_split_none. eapply Forall_impl; [exact Hl|]. intros a Ha. by rewrite Ha. Qed.

Definition empty_uri : uri_state := Uri state_empty [] [] [] [] [].

(** A uri put together from a scheme, a resource and a query is taken apart
    into them again; what follows a number sign is dropped. *)
Theorem uri_parse_parts scheme resource query fragment :
  Forall (fun c => is_unreserved_uri_char c = true) scheme ->
  Forall (fun c => is_unreserved_uri_char c = true) resource ->
  Forall (fun c => is_valid_uri_query_char c = true) query ->
  let uri := scheme ++ 58 :: resource ++ 63 :: query ++ 35 :: fragment in
  uri_parse_str uri empty_uri = (Uri state_valid uri scheme resource query [], Ok tt).
Proof.
  intros Hs Hr Hq uri. unfold uri_parse_str, uri. cbn [u_state empty_uri].
  rewrite (copy_until_stop _ scheme 58) by done. cbn [Z.eqb Pos.eqb negb].
  rewrite (copy_until_stop _ resource 63) by done. cbn [Z.eqb Pos.eqb negb].
  rewrite (copy_until_stop _ query 35) by done. done.
Qed.

(** The elements of a query, with ampersands between them. *)
Fixpoint join (es : list bytes) : bytes :=
  match es with
  | [] => []
  | [e] => e
  | e :: es => e ++ 38 :: join es
  end.

Lemma query_loop_join es fuel pre : Forall (Forall (fun c => is_unreserved_uri_query_char c = true)) es ->
  (length (join es) <= fuel)%nat -> (es = [] \/ last es <> Some []) ->
  query_loop fuel (join es) pre = (pre ++ es, Ok tt).
Proof.
  intros Hes. revert fuel pre. induction Hes as [|e es He Hes IH]; intros fuel pre Hl Hlast; [destruct fuel; cbn; by rewrite app_nil_r|].
  destruct es as [|e2 es].
  - destruct e as [|c e]; [by destruct Hlast as [?|[]]|]. destruct fuel as [|fuel]; [cbn in Hl; lia|].
    change (join [c :: e]) with (c :: e). cbn [query_loop].
    rewrite (copy_until_end _ (c :: e) He). done.
  - change (join (e :: e2 :: es)) with (e ++ 38 :: join (e2 :: es)) in *. rewrite length_app in Hl. cbn [length] in Hl.
    destruct fuel as [|fuel]; [lia|]. assert (Hne : exists c r, e ++ 38 :: join (e2 :: es) = c :: r) by (destruct e; eauto).
    destruct Hne as (c & r & Hcr). cbn [query_loop]. rewrite Hcr. rewrite <- Hcr.
    rewrite (copy_until_stop _ e 38) by done. cbn [Z.eqb Pos.eqb negb]. rewrite IH; [by rewrite <- app_assoc|lia|].
    right. destruct Hlast as [?|Hlast]; [done|]. cbn in Hlast |- *. done.
Qed.

(** The elements of a query string are those it was put together from, unless
    the last one is empty. *)
Theorem query_elements es : Forall (Forall (fun c => is_unreserved_uri_query_char c = true)) es ->
  (es = [] \/ last es <> Some []) ->
  uri_parse_query_str (join es) (Query state_empty [] []) = (Query state_valid (join es) es, Ok tt).
Proof.
  intros Hes Hl. unfold uri_parse_query_str. cbn [q_state q_elements]. by rewrite query_loop_join.
Qed.

Lemma rfind_split_app ch pre post : Forall (fun c => c <> ch) post -> rfind_split ch (pre ++ ch :: post) = Some (pre, ch :: post).
Proof.
  intros Hp. assert (Hn : rfind_split ch post = None).
  { induction Hp as [|c l Hc Hl IH]; [done|]. cbn. rewrite IH. by rewrite (proj2 (Z.eqb_neq _ _)). }
  induction pre as [|c pre IH]; cbn; [by rewrite Hn, Z.eqb_refl|]. by rewrite IH.
Qed.

(** A tracker can be scraped exactly when its scrape url exists, which is the
    announce url with the last announce replaced. *)
Theorem scrape_url uri :
  (uri_can_scrape uri = true <-> exists r, uri_generate_scrape_url uri = Ok r) /\
  (forall pre args, uri = pre ++ announce ++ args -> Forall (fun c => c <> 47) args ->
    uri_generate_scrape_url uri = Ok (pre ++ scrape ++ args)).
Proof.
  split.
  - unfold uri_can_scrape, uri_generate_scrape_url. destruct (rfind_split 47 uri) as [[pre post]|]; [|split; [done|intros [? ?]; done]].
    destruct (announce_at post); cbn; [split; eauto|]. split; [done|]. intros [r Hr]. done.
  - intros pre args -> Hargs. unfold uri_generate_scrape_url.
    assert (Hn : Forall (fun c => c <> 47) (drop 1 announce ++ args)).
    { apply Forall_app. split; [|done]. vm_compute. repeat constructor; done. }
    change (announce ++ args) with (47 :: (drop 1 announce ++ args)). rewrite (rfind_split_app 47 pre _ Hn).
    change (47 :: (drop 1 announce ++ args)) with (announce ++ args). unfold announce_at. rewrite take_app_length, drop_app_length.
    destruct (str_eqb_spec announce announce); [|done]. done.
Qed.
End UriFacts.

(** ** Options have one name for each value *)
Module OptionFacts.
Import OptionStrings.

Lemma str_eqb_refl s : str_eqb s s = true.
Proof. by destruct (str_eqb_spec s s). Qed.

Lemma pair_name_value l v n : NoDup (fst <$> l) -> find_pair_value v l = Some n -> find_pair_name n l = Some v.
Proof.
  induction l as [|[m u] l IH]; [done|]. cbn. intros [Hm Hl]%NoDup_cons. destruct (u =? v) eqn:E; bool_prop.
  - intros [= <-]. rewrite str_eqb_refl. congruence.
  - intros Hf. destruct (str_eqb_spec m n) as [->|_]; [|by apply IH]. exfalso. apply Hm. clear -Hf.
    induction l as [|[m u] l IH]; [done|]. cbn in *. destruct (u =? v); [injection Hf as ->; left|right; by apply IH].
Qed.

Lemma find_name_lookup l pos i n : NoDup l -> l !! i = Some n -> find_name n pos l = Some (pos + Z.of_nat i).
Proof.
  revert pos i. induction l as [|m l IH]; intros pos i Hn Hi; [done|]. apply NoDup_cons in Hn as [Hm Hn]. cbn.
  destruct i as [|i]; cbn in Hi; [injection Hi as ->; rewrite str_eqb_refl; f_equal; lia|].
  destruct (str_eqb_spec m n) as [->|_]; [exfalso; apply Hm; by eapply list_elem_of_lookup_2|].
  rewrite (IH (pos + 1) i Hn Hi). f_equal. lia.
Qed.

Lemma pair_names_distinct : Forall (fun l => NoDup (fst <$> l)) option_pair_lists.
Proof. apply (bool_decide_unpack _). by vm_compute. Qed.

Lemma single_names_distinct : Forall NoDup option_single_lists.
Proof. apply (bool_decide_unpack _). by vm_compute. Qed.

(** The name of a value is the name under which the value is found. *)
Theorem option_names_roundtrip opt value name : 0 <= value ->
  option_to_c_str opt value = Ok (Some name) -> option_find_string opt name = Ok value.
Proof.
  intros Hv. unfold option_to_c_str, option_find_string. destruct (opt <? OPTION_START_COMPACT)%nat.
  - intros Ho. res_inv. pose proof pair_names_distinct as Hd. rewrite Forall_lookup in Hd. rewrite E. cbn.
    by rewrite (pair_name_value v value name (Hd _ _ E) Ho).
  - destruct (opt <? OPTION_MAX_SIZE)%nat; [|done]. intros Ho. res_inv. pose proof single_names_distinct as Hd.
    rewrite Forall_lookup in Hd. rewrite E. cbn. destruct (value <? zlen v) eqn:Elt; [|done].
    unfold zlookup in Ho. rewrite (proj2 (Z.leb_le _ _)) in Ho by lia.
    rewrite (find_name_lookup v 0 (Z.to_nat value) name (Hd _ _ E) Ho). cbn. f_equal. lia.
Qed.
End OptionFacts.

(** ** Looking up an address *)
Module ExtentsFacts.
Import Extents.

(** Ranges in order, none empty, none overlapping the next. *)
Definition disjoint (t : table) : Prop :=
  Forall (fun e => fst e <= fst (snd e)) t /\ StronglySorted (fun e f => fst (snd e) < fst f) t.

Lemma start_iter_split a (pre post : table) : Forall (fun e => fst e <= a) pre ->
  match post with [] => True | e :: _ => a < fst e end ->
  find_split (fun e => a <? fst e) (pre ++ post) = (pre, post).
Proof.
  intros Hpre Hpost.
  assert (Hp : Forall (fun e => (a <? fst e) = false) pre).
  { eapply Forall_impl; [exact Hpre|]. intros e He. apply Z.ltb_ge. done. }
  destruct post as [|e post]; [rewrite app_nil_r; by apply UriFacts.find_split_none|].
  apply UriFacts.find_split_all; [done|]. by apply Z.ltb_lt.
Qed.

(** Looking for an address from which on no range starts runs off the end of
    the table, also when the table is empty or a range holds the address. *)
Theorem lookup_past_last a (t : table) : Forall (fun e => fst e <= a) t -> defined a a t = UB.
Proof.
  intros Ht. unfold defined, find_range, start_iter. pose proof (start_iter_split a t [] Ht I) as E. rewrite app_nil_r in E. rewrite E.
  destruct (last t) as [[k [hi v]]|] eqn:El; [|done]. cbn [snd defined_loop].
  apply last_Some in El as [l ->]. apply Forall_app in Ht as [_ Ht]. apply Forall_cons in Ht as [Hk _]. cbn in Hk.
  by rewrite (proj2 (Z.leb_le _ _) Hk).
Qed.

Lemma disjoint_unique pre k hi v post a e : disjoint (pre ++ (k, (hi, v)) :: post) -> k <= a ->
  match post with [] => True | f :: _ => a < fst f end ->
  e ∈ pre ++ (k, (hi, v)) :: post -> fst e <= a <= fst (snd e) -> e = (k, (hi, v)).
Proof.
  intros [Hne Hs] Hk Hpost He Ha. apply StronglySorted_app in Hs as (Hcross & _ & Hs).
  apply elem_of_app in He as [He|He].
  - specialize (Hcross e (k, (hi, v)) He). cbn in Hcross. assert (fst (snd e) < k) by (apply Hcross; left). lia.
  - apply elem_of_cons in He as [->|He]; [done|]. destruct post as [|f post]; [by apply elem_of_nil in He|].
    apply StronglySorted_cons in Hs as [_ Hs]. apply StronglySorted_cons in Hs as [Hf _].
    apply elem_of_cons in He as [->|He]; [lia|]. rewrite Forall_forall in Hf. specialize (Hf e He).
    apply Forall_app in Hne as [_ Hne]. apply Forall_cons in Hne as [_ Hne]. apply Forall_cons in Hne as [Hf2 _]. lia.
Qed.

Lemma map_at_found pre k x post : disjoint (pre ++ (k, x) :: post) -> map_at k (pre ++ (k, x) :: post) = Ok x.
Proof.
  intros [Hne Hs]. induction pre as [|[k' x'] pre IH]; cbn [app map_at]; [by rewrite Z.eqb_refl|].
  apply Forall_cons in Hne as [Hne1 Hne]. apply StronglySorted_cons in Hs as [Hall Hs].
  rewrite (proj2 (Z.eqb_neq _ _)); [by apply IH|]. apply Forall_app in Hall as [_ Hall]. apply Forall_cons in Hall as [Hk _].
  cbn in *. lia.
Qed.

(** Below the start of the last range the table is what it seems: an address
    is defined exactly when a range holds it, and has the value of that range. *)
Theorem lookup_below_last a (t : table) : disjoint t -> Exists (fun e => a < fst e) t ->
  (exists e, e ∈ t /\ fst e <= a <= fst (snd e) /\ defined a a t = Ok true /\ at_ a a t = Ok (snd (snd e))) \/
  ((forall e, e ∈ t -> ~ fst e <= a <= fst (snd e)) /\ defined a a t = Ok false /\ at_ a a t = Throw out_of_range).
Proof.
  intros Hd Hex. destruct (find_split (fun e => a <? fst e) t) as [pre post] eqn:Ef.
  pose proof (find_split_app (fun e => a <? fst e) t) as Happ. pose proof (find_split_pre (fun e => a <? fst e) t) as Hpre.
  pose proof (find_split_post (fun e => a <? fst e) t) as Hpost. rewrite Ef in *. cbn [fst snd] in *.
  assert (Hpre' : Forall (fun e => fst e <= a) pre) by (eapply Forall_impl; [exact Hpre|]; intros e He; by apply Z.ltb_ge).
  destruct post as [|[k2 x2] post].
  { exfalso. rewrite <- Happ, app_nil_r in Hex. apply Exists_exists in Hex as (e & He & Hlt).
    rewrite Forall_forall in Hpre'. specialize (Hpre' e He). lia. }
  specialize (Hpost (k2, x2) post eq_refl). apply Z.ltb_lt in Hpost. cbn in Hpost.
  assert (Hk2 : (k2 <=? a) = false) by (apply Z.leb_gt; lia).
  destruct (last pre) as [[k [hi v]]|] eqn:El.
  - apply last_Some in El as [l ->]. rewrite <- app_assoc in Happ. cbn in Happ.
    apply Forall_app in Hpre' as [_ Hk]. apply Forall_cons in Hk as [Hk _]. cbn in Hk.
    assert (Hfind : find_range a a t = Ok (if a <=? hi then Some k else None)).
    { unfold find_range, start_iter. rewrite Ef, last_snoc. cbn [snd defined_loop]. rewrite (proj2 (Z.leb_le _ _) Hk). cbn [andb is_Some].
      destruct x2 as [hi2 v2]. rewrite Hk2. destruct (a <=? hi); done. }
    destruct (a <=? hi) eqn:Eh; bool_prop.
    + left. exists (k, (hi, v)). rewrite <- Happ at 1. split_and!; [apply elem_of_app; right; left|done|cbn; lia| |].
      * unfold defined. by rewrite Hfind.
      * unfold at_, get_matching_key. rewrite Hfind. cbn. rewrite <- Happ in Hd |- *. by rewrite (map_at_found l k (hi, v) _ Hd).
    + right. split_and!; [|unfold defined; by rewrite Hfind|unfold at_, get_matching_key; by rewrite Hfind].
      intros e He Ha. rewrite <- Happ in Hd, He.
      assert (e = (k, (hi, v))) as -> by (eapply (disjoint_unique l k hi v); eauto). cbn in Ha. lia.
  - apply last_None in El as ->. cbn in Happ. subst t.
    assert (Hfind : find_range a a ((k2, x2) :: post) = Ok None).
    { unfold find_range, start_iter. rewrite Ef. cbn. destruct x2 as [hi2 v2]. by rewrite Hk2. }
    right. split_and!; [|unfold defined; by rewrite Hfind|unfold at_, get_matching_key; by rewrite Hfind].
    intros e He Ha. destruct Hd as [Hne Hs]. apply StronglySorted_cons in Hs as [Hall _]. apply Forall_cons in Hne as [Hne _].
    apply elem_of_cons in He as [->|He]; [cbn in Ha; lia|]. rewrite Forall_forall in Hall. specialize (Hall e He). cbn in *. lia.
Qed.

(** An address below the start of some range is answered, whatever the ranges
    are. *)
Lemma lookup_answers a (t : table) : Exists (fun e => a < fst e) t ->
  exists b, defined a a t = Ok b /\ (b = true -> exists v, at_ a a t = Ok v).
Proof.
  intros Hex. pose proof (find_split_app (fun e => a <? fst e) t) as Happ.
  pose proof (find_split_pre (fun e => a <? fst e) t) as Hpre. pose proof (find_split_post (fun e => a <? fst e) t) as Hpost.
  unfold defined, at_, get_matching_key, find_range, start_iter.
  destruct (find_split (fun e => a <? fst e) t) as [pre post]. cbn [fst snd] in *.
  destruct post as [|[k2 [hi2 v2]] post].
  { exfalso. rewrite <- Happ, app_nil_r in Hex. apply Exists_exists in Hex as (e & He & Hlt).
    rewrite Forall_forall in Hpre. specialize (Hpre e He). apply Z.ltb_ge in Hpre. lia. }
  specialize (Hpost (k2, (hi2, v2)) post eq_refl). apply Z.ltb_lt in Hpost. cbn in Hpost.
  assert (Hk2 : (k2 <=? a) = false) by (apply Z.leb_gt; lia).
  destruct (last pre) as [[k [hi v]]|] eqn:El; cbn [snd defined_loop]; [|rewrite Hk2; by exists false].
  apply last_Some in El as [l ->]. apply Forall_app in Hpre as [_ Hk]. apply Forall_cons in Hk as [Hk _].
  apply Z.ltb_ge in Hk. cbn in Hk. rewrite (proj2 (Z.leb_le _ _) Hk). cbn [andb].
  rewrite bool_decide_eq_false_2 by (by intros [? ?]). cbn [negb]. rewrite Hk2. cbn [andb].
  destruct (a <=? hi); [|by exists false]. exists true. split; [done|]. intros _. res_simpl.
  assert (Hat : exists x, map_at k t = Ok x).
  { rewrite <- Happ. clear. rewrite <- app_assoc. induction l as [|[k' x'] l IH]; cbn [app map_at].
    - rewrite Z.eqb_refl. by eexists.
    - destruct (k =? k'); [by eexists|done]. }
  destruct Hat as [x ->]. by eexists.
Qed.

(** Ranges of a filter with a last range above all addresses that are asked
    for; inserting goes through as long as there is one. *)
Example insert_below_last :
  insert 10 20 7 [(2 ^ 32 - 1, (2 ^ 32 - 1, 0))] = Ok [(10, (20, 7)); (2 ^ 32 - 1, (2 ^ 32 - 1, 0))] /\
  insert 10 20 7 [] = UB.
Proof. split; vm_compute; done. Qed.

Lemma lookup_below_last_witness : at_ 15 15 [(10, (20, 7)); (100, (200, 1))] = Ok 7.
Proof.
  destruct (lookup_below_last 15 [(10, (20, 7)); (100, (200, 1))]) as [(e & He & Ha & _ & Hat)|(Hno & _)].
  - split; repeat constructor; cbn; lia.
  - apply Exists_cons. right. apply Exists_cons. left. cbn. lia.
  - apply elem_of_cons in He as [->|[->|He%elem_of_nil]%elem_of_cons]; [exact Hat|cbn in Ha; lia|done].
  - exfalso. apply (Hno (10, (20, 7))); [left|cbn; lia].
Defined.
End ExtentsFacts.
