(* ===== verification/Dht.v ===== *)
(** * Nodes, buckets and peer tables of the DHT (src/torrent/hash_string.h,
      src/dht/dht_node.cc, dht_bucket.cc, dht_tracker.cc)

    Module [HashString]: 160-bit identifiers as twenty bytes, ordered as
    numbers.  Module [DhtNode]: what is known of another node.  Module
    [DhtBucket]: a power-of-two range of identifiers with up to eight nodes,
    its split in two halves and the cache of its compact nodes.  Module
    [DhtTracker]: the peers announced for a torrent.

    A pointer to a node is its identifier, and the nodes that exist are a
    finite map; a pointer to a bucket is a name in a store of buckets. *)

From S2P Require Import Prelude Object Bencode ProtocolBase SocketAddress.
Import SocketAddress AddressList.

(** ** Identifiers *)

Module HashString.

Definition size_data : nat := 20.

Definition hash_eq (one two : bytes) : bool := str_eqb one two.
Definition hash_lt (one two : bytes) : bool := str_lt one two.
Definition hash_le (one two : bytes) : bool := str_le one two.
(** [clear(v)] and [new_zero]. *)
Definition hash_clear (v : Z) : bytes := replicate size_data (u8 v).
Definition new_zero : bytes := hash_clear 0.

(** [hash[i]] *)
Definition hash_at (h : bytes) (i : nat) : Z := nth i h 0.

Definition is_hash (h : bytes) : Prop := length h = size_data /\ Forall is_u8 h.

Abbreviation num := ProtocolBuffer.be_combine.

Lemma num_range h : is_hash h -> 0 <= num h < 2 ^ 160.
Proof. intros [Hl Hb]. pose proof (be_combine_range h Hb) as Hr. unfold zlen in Hr. by rewrite Hl in Hr. Qed.

Lemma num_inj a b : is_hash a -> is_hash b -> num a = num b -> a = b.
Proof. intros [Ha1 Ha2] [Hb1 Hb2]. apply be_combine_inj; [done..|congruence]. Qed.

Lemma hash_lt_num a b : is_hash a -> is_hash b -> hash_lt a b = (num a <? num b).
Proof.
  intros [Ha1 Ha2] [Hb1 Hb2]. unfold hash_lt, str_lt. rewrite str_compare_combine by (done || congruence).
  destruct (Z.compare_spec (num a) (num b)); symmetry; [apply Z.ltb_ge|apply Z.ltb_lt|apply Z.ltb_ge]; lia.
Qed.

Lemma hash_le_num a b : is_hash a -> is_hash b -> hash_le a b = (num a <=? num b).
Proof. intros Ha Hb. unfold hash_le, str_le. fold (hash_lt b a). rewrite hash_lt_num by done. lia. Qed.

Lemma hash_eq_num a b : is_hash a -> is_hash b -> hash_eq a b = (num a =? num b).
Proof.
  intros Ha Hb. unfold hash_eq. rewrite str_eqb_decide. apply eq_true_iff_eq.
  rewrite bool_decide_eq_true, Z.eqb_eq. split; [by intros ->|by apply num_inj].
Qed.

Lemma hash_eq_decide a b : hash_eq a b = bool_decide (a = b).
Proof. apply str_eqb_decide. Qed.

(** The identifier of a number. *)
Definition of_num (z : Z) : bytes := ProtocolBuffer.be size_data z.

Lemma of_num_hash z : is_hash (of_num z).
Proof. split; [apply ProtocolBuffer.be_length|apply be_bytes]. Qed.

Lemma num_of_num z : 0 <= z < 2 ^ 160 -> num (of_num z) = z.
Proof. intros Hz. by apply ProtocolBuffer.be_combine_be. Qed.

End HashString.
Import HashString.

(** ** Nodes *)

Module DhtNode.

Definition max_failed_replies : Z := 5.

Record DhtNode := mkNode {
  n_id : bytes;
  m_socket_address : sockaddr;
  m_last_seen : Z;
  m_recently_active : bool;
  m_recently_inactive : Z;
  m_bucket : option nat
}.

Definition is_good (n : DhtNode) : bool := m_recently_active n.
Definition is_questionable (n : DhtNode) : bool := negb (m_recently_active n).
Definition is_bad (n : DhtNode) : bool := max_failed_replies <=? m_recently_inactive n.
Definition is_active (n : DhtNode) : bool := negb (m_last_seen n =? 0).
Definition node_age (now : Z) (n : DhtNode) : Z := u32 (now - m_last_seen n).

Definition set_bucket (n : DhtNode) (b : option nat) : DhtNode :=
  mkNode (n_id n) (m_socket_address n) (m_last_seen n) (m_recently_active n) (m_recently_inactive n) b.

Definition update (now : Z) (n : DhtNode) : DhtNode :=
  mkNode (n_id n) (m_socket_address n) (m_last_seen n) (node_age now n <? 15 * 60)
    (m_recently_inactive n) (m_bucket n).

Definition set_address (n : DhtNode) (sa : option sockaddr) : res DhtNode :=
  a ← sa_copy sa;
  Ok (mkNode (n_id n) a (m_last_seen n) (m_recently_active n) (m_recently_inactive n) (m_bucket n)).

Definition new_node (id : bytes) (sa : sockaddr) : res DhtNode :=
  a ← sa_copy (Some sa); Ok (mkNode id a 0 false 0 None).

Definition key_t : bytes := [116].
Definition key_i : bytes := [105].
Definition key_p : bytes := [112].

Definition get_key_value (o : Object.Object) (k : bytes) : res Z :=
  v ← Object.get_key o k; Object.as_value v.

Section host.
Context `{ByteOrder}.

(** A node of the cache; its time stamp, address and port are cut to their
    widths. *)
Definition new_cached_node (now : Z) (id : bytes) (cache : Object.Object) : res DhtNode :=
  t ← get_key_value cache key_t;
  i ← get_key_value cache key_i;
  p ← get_key_value cache key_p;
  Ok (update now (mkNode (take size_data id) (sa_make_inet_h (u32 i) (u16 p)) (u32 t) false 0 None)).

(** The twenty-six bytes stored, or an exception for another family. *)
Definition store_compact (n : DhtNode) : res bytes :=
  match m_socket_address n with
  | AF_INET sin => Ok (n_id n ++ compact_str sin)
  | _ => Throw internal_error
  end.

Definition store_cache (n : DhtNode) (container : Object.Object) : res Object.Object :=
  c ← match m_socket_address n with
      | AF_INET6 _ =>
          c ← Object.insert_key container key_i (Object.TYPE_VALUE 0 0);
          Object.insert_key c key_p (Object.TYPE_VALUE 0 (sa_port (Some (m_socket_address n))))
      | AF_INET sin =>
          c ← Object.insert_key container key_i (Object.TYPE_VALUE 0 (ntohl (sin_addr sin)));
          Object.insert_key c key_p (Object.TYPE_VALUE 0 (ntohs (sin_port sin)))
      | _ => Throw internal_error
      end;
  Object.insert_key c key_t (Object.TYPE_VALUE 0 (m_last_seen n)).
End host.
End DhtNode.
Import DhtNode.

(** The nodes that exist, by identifier. *)
Abbreviation NodeMap := (gmap bytes DhtNode).

(** ** Buckets *)

Module DhtBucket.

Definition num_nodes : nat := 8.

Record DhtBucket := mkBucket {
  b_nodes : list bytes;
  m_parent : option nat;
  m_child : option nat;
  m_last_changed : Z;
  m_good : Z;
  m_bad : Z;
  m_fullCacheLength : nat;
  m_begin : bytes;
  m_end : bytes;
  m_fullCache : bytes
}.

Definition new_bucket (now : Z) (first last : bytes) : DhtBucket :=
  mkBucket [] None None now 0 0 0 first last [].

Definition with_nodes (b : DhtBucket) (l : list bytes) : DhtBucket :=
  mkBucket l (m_parent b) (m_child b) (m_last_changed b) (m_good b) (m_bad b)
    (m_fullCacheLength b) (m_begin b) (m_end b) (m_fullCache b).
Definition with_parent (b : DhtBucket) (p : option nat) : DhtBucket :=
  mkBucket (b_nodes b) p (m_child b) (m_last_changed b) (m_good b) (m_bad b)
    (m_fullCacheLength b) (m_begin b) (m_end b) (m_fullCache b).
Definition with_child (b : DhtBucket) (c : option nat) : DhtBucket :=
  mkBucket (b_nodes b) (m_parent b) c (m_last_changed b) (m_good b) (m_bad b)
    (m_fullCacheLength b) (m_begin b) (m_end b) (m_fullCache b).
Definition with_begin (b : DhtBucket) (h : bytes) : DhtBucket :=
  mkBucket (b_nodes b) (m_parent b) (m_child b) (m_last_changed b) (m_good b) (m_bad b)
    (m_fullCacheLength b) h (m_end b) (m_fullCache b).
Definition with_counts (b : DhtBucket) (good bad : Z) : DhtBucket :=
  mkBucket (b_nodes b) (m_parent b) (m_child b) (m_last_changed b) good bad
    (m_fullCacheLength b) (m_begin b) (m_end b) (m_fullCache b).
Definition with_cache (b : DhtBucket) (len : nat) (c : bytes) : DhtBucket :=
  mkBucket (b_nodes b) (m_parent b) (m_child b) (m_last_changed b) (m_good b) (m_bad b)
    len (m_begin b) (m_end b) c.
(** [set_time], which takes an [int32_t]. *)
Definition with_time (b : DhtBucket) (t : Z) : DhtBucket :=
  mkBucket (b_nodes b) (m_parent b) (m_child b) t (m_good b) (m_bad b)
    (m_fullCacheLength b) (m_begin b) (m_end b) (m_fullCache b).
Definition set_time (b : DhtBucket) (t : Z) : DhtBucket := with_time b (s32 t).
Definition touch (now : Z) (b : DhtBucket) : DhtBucket := with_time b now.

Definition is_in_range (b : DhtBucket) (id : bytes) : bool :=
  hash_le (m_begin b) id && hash_le id (m_end b).
Definition is_full (b : DhtBucket) : bool := (num_nodes <=? length (b_nodes b))%nat.
Definition has_space (b : DhtBucket) : bool := negb (is_full b) || (0 <? m_bad b).
Definition bucket_age (now : Z) (b : DhtBucket) : Z := u32 (now - m_last_changed b).

Definition node_now_good (was_bad : bool) (b : DhtBucket) : DhtBucket :=
  with_counts b (u32 (m_good b + 1)) (u32 (m_bad b - b2z was_bad)).
Definition node_now_bad (was_good : bool) (b : DhtBucket) : DhtBucket :=
  with_counts b (u32 (m_good b - b2z was_good)) (u32 (m_bad b + 1)).

Definition get_node (nodes : NodeMap) (id : bytes) : res DhtNode := of_deref (nodes !! id).

Definition add_node (now : Z) (nodes : NodeMap) (b : DhtBucket) (id : bytes) : res DhtBucket :=
  n ← get_node nodes id;
  let b := touch now (with_nodes b (b_nodes b ++ [id])) in
  let b := if is_good n then with_counts b (u32 (m_good b + 1)) (m_bad b)
           else if is_bad n then with_counts b (m_good b) (u32 (m_bad b + 1)) else b in
  Ok (with_cache b 0 (m_fullCache b)).

(** [std::find] and [erase] of the first pointer equal to [id]. *)
Fixpoint erase_first (id : bytes) (l : list bytes) : option (list bytes) :=
  match l with
  | [] => None
  | x :: l => if bool_decide (x = id) then Some l else (x ::.) <$> erase_first id l
  end.

Definition remove_node (nodes : NodeMap) (b : DhtBucket) (id : bytes) : res DhtBucket :=
  match erase_first id (b_nodes b) with
  | None => Throw internal_error
  | Some l =>
      n ← get_node nodes id;
      let b := with_nodes b l in
      let b := if is_good n then with_counts b (u32 (m_good b - 1)) (m_bad b)
               else if is_bad n then with_counts b (m_good b) (u32 (m_bad b - 1)) else b in
      Ok (with_cache b 0 (m_fullCache b))
  end.

(** [std::count_if] over the nodes of the bucket. *)
Fixpoint count_nodes (p : DhtNode -> bool) (nodes : NodeMap) (l : list bytes) : res Z :=
  match l with
  | [] => Ok 0
  | id :: l =>
      n ← get_node nodes id;
      c ← count_nodes p nodes l;
      Ok (b2z (p n) + c)
  end.

Definition bucket_count (nodes : NodeMap) (b : DhtBucket) : res DhtBucket :=
  good ← count_nodes is_good nodes (b_nodes b);
  bad ← count_nodes is_bad nodes (b_nodes b);
  Ok (with_counts b good bad).

Definition bucket_update (nodes : NodeMap) (b : DhtBucket) : res DhtBucket :=
  b ← bucket_count nodes b; Ok (with_cache b 0 (m_fullCache b)).

(** The loop of [find_replacement_candidate]; [None] is [end()]. *)
Fixpoint candidate_loop (nodes : NodeMap) (onlyOldest : bool) (l : list bytes)
    (oldest : option bytes) (oldestTime : Z) : res (option bytes) :=
  match l with
  | [] => Ok oldest
  | id :: l =>
      n ← get_node nodes id;
      if is_bad n && negb onlyOldest then Ok (Some id)
      else if m_last_seen n <? oldestTime then candidate_loop nodes onlyOldest l (Some id) (m_last_seen n)
      else candidate_loop nodes onlyOldest l oldest oldestTime
  end.

Definition find_replacement_candidate (nodes : NodeMap) (b : DhtBucket) (onlyOldest : bool)
    : res (option bytes) :=
  candidate_loop nodes onlyOldest (b_nodes b) None (2 ^ 32 - 1).

(** [*middle = m_end], changed at the first byte where the ends differ. *)
Fixpoint mid_point (first last : bytes) : bytes :=
  match first, last with
  | x :: first, y :: last => if negb (x =? y) then (x + y) / 2 :: last else y :: mid_point first last
  | _, _ => last
  end.
Definition get_mid_point (b : DhtBucket) : bytes := mid_point (m_begin b) (m_end b).

(** The bytes are [char]s, signed, and the sum is cut to a byte; [rand i] is
    the value of [random()] for byte [i]. *)
Fixpoint random_id (rand : nat -> Z) (first last : bytes) : bytes :=
  match first, last with
  | x :: first, y :: last =>
      u8 (Object.schar x + Z.land (rand O) (Object.schar y - Object.schar x)) ::
      random_id (fun i => rand (S i)) first last
  | _, _ => []
  end.
Definition get_random_id (rand : nat -> Z) (b : DhtBucket) : bytes :=
  random_id rand (m_begin b) (m_end b).

(** The loop with the carry, from the last byte to the first. *)
Fixpoint increment (h : bytes) : bytes * Z :=
  match h with
  | [] => ([], 1)
  | x :: h =>
      let '(h, carry) := increment h in
      let sum := x + carry in (u8 sum :: h, Z.shiftr sum 8)
  end.

(** The bucket store and the nodes, which a split changes together. *)
Abbreviation BucketMap := (gmap nat DhtBucket).

Definition get_bucket (buckets : BucketMap) (b : nat) : res DhtBucket := of_deref (buckets !! b).

Fixpoint set_buckets (nodes : NodeMap) (l : list bytes) (o : nat) : res NodeMap :=
  match l with
  | [] => Ok nodes
  | id :: l =>
      n ← get_node nodes id;
      set_buckets (<[id := set_bucket n (Some o)]> nodes) l o
  end.

(** The links that [split] sets between [h], the upper half, and [o], the
    lower half. *)
Definition link_halves (buckets : BucketMap) (h o : nat) (lower : bool) : res BucketMap :=
  b ← get_bucket buckets h;
  other ← get_bucket buckets o;
  if lower then
    Ok (<[h := with_child b (Some o)]> (<[o := with_parent other (Some h)]> buckets))
  else
    '(buckets, other) ← match m_parent b with
      | Some p =>
          parent ← get_bucket buckets p;
          Ok (<[p := with_child parent (Some o)]> buckets, with_parent other (Some p))
      | None => Ok (buckets, other)
      end;
    Ok (<[h := with_parent b (Some o)]> (<[o := with_child other (Some h)]> buckets)).

(** [split]; [o] is the name of the new bucket and [id] that of the router.
    The order in which [std::partition] leaves the nodes is unspecified; here
    it is that of the bucket. *)
Definition split (now : Z) (nodes : NodeMap) (buckets : BucketMap) (h o : nat) (id : bytes)
    : res (NodeMap * BucketMap) :=
  b ← get_bucket buckets h;
  let mid_range := get_mid_point b in
  let other := new_bucket now (m_begin b) mid_range in
  let b := with_begin b (fst (increment mid_range)) in
  let other := with_nodes other (filter (fun i => is_in_range b i = false) (b_nodes b)) in
  nodes ← set_buckets nodes (b_nodes other) o;
  let b := with_nodes b (filter (fun i => is_in_range b i = true) (b_nodes b)) in
  let other := set_time other (m_last_changed b) in
  other ← bucket_count nodes other;
  b ← bucket_count nodes b;
  buckets ← link_halves (<[h := b]> (<[o := other]> buckets)) h o (is_in_range other id);
  Ok (nodes, buckets).

(** ** The chain of buckets and the cache of compact nodes *)

Record DhtBucketChain := mkChain { m_restart : option nat; m_cur : nat }.

Definition chain_next (buckets : BucketMap) (c : DhtBucketChain) : res (option DhtBucketChain) :=
  b ← get_bucket buckets (m_cur c);
  match m_restart c with
  | None => Ok (mkChain None <$> m_parent b)
  | Some r =>
      match m_child b with
      | Some child => Ok (Some (mkChain (Some r) child))
      | None => r ← get_bucket buckets r; Ok (mkChain None <$> m_parent r)
      end
  end.

Definition full_cache_size : nat := num_nodes * 26.

Section host.
Context `{ByteOrder}.

Fixpoint cache_nodes (nodes : NodeMap) (l : list bytes) (pos : bytes) : res bytes :=
  match l with
  | [] => Ok pos
  | id :: l =>
      if (length pos <? full_cache_size)%nat then
        n ← get_node nodes id;
        if is_bad n then cache_nodes nodes l pos
        else
          e ← store_compact n;
          let pos := pos ++ e in
          _ ← throw_when (full_cache_size <? length pos)%nat internal_error;
          cache_nodes nodes l pos
      else Ok pos
  end.

(** The chain may have as many steps as there are buckets. *)
Fixpoint cache_loop (fuel : nat) (nodes : NodeMap) (buckets : BucketMap) (c : DhtBucketChain)
    (pos : bytes) : res bytes :=
  match fuel with
  | O => UB
  | S fuel =>
      b ← get_bucket buckets (m_cur c);
      pos ← cache_nodes nodes (b_nodes b) pos;
      if (length pos <? full_cache_size)%nat then
        next ← chain_next buckets c;
        match next with
        | None => Ok pos
        | Some c => cache_loop fuel nodes buckets c pos
        end
      else Ok pos
  end.

Definition build_full_cache (nodes : NodeMap) (buckets : BucketMap) (h : nat) : res BucketMap :=
  pos ← cache_loop (base.size buckets) nodes buckets (mkChain (Some h) h) [];
  b ← get_bucket buckets h;
  Ok (<[h := with_cache b (length pos) pos]> buckets).

Definition full_bucket (nodes : NodeMap) (buckets : BucketMap) (h : nat) : res (bytes * BucketMap) :=
  b ← get_bucket buckets h;
  buckets ← (if (m_fullCacheLength b =? 0)%nat then build_full_cache nodes buckets h else Ok buckets);
  b ← get_bucket buckets h;
  Ok (take (m_fullCacheLength b) (m_fullCache b), buckets).
End host.

(** ** Ranges of identifiers *)

(** The identifiers from [first] to [last] are an aligned block of [2 ^ k]. *)
Definition block (k : Z) (first last : bytes) : Prop :=
  Forall is_u8 first /\ Forall is_u8 last /\ length first = length last /\
  0 <= k <= 8 * zlen first /\ num first mod 2 ^ k = 0 /\ num last = num first + 2 ^ k - 1.

Lemma num_cons x h : num (x :: h) = x * 2 ^ (8 * zlen h) + num h.
Proof.
  change (x :: h) with ([x] ++ h). rewrite be_combine_app. f_equal.
  change (num [x]) with x. f_equal. change 256 with (2 ^ 8). rewrite <- Z.pow_mul_r; [done|lia|].
  apply zlen_nonneg.
Qed.

Lemma num_bound h : Forall is_u8 h -> 0 <= num h < 2 ^ (8 * zlen h).
Proof.
  intros Hb. pose proof (be_combine_range h Hb) as Hr. change 256 with (2 ^ 8) in Hr.
  rewrite <- Z.pow_mul_r in Hr; [done|lia|apply zlen_nonneg].
Qed.

(** Quotient and remainder determine a number. *)
Lemma divide_unique M x y a b : 0 <= a < M -> 0 <= b < M -> x * M + a = y * M + b -> x = y /\ a = b.
Proof. intros. assert (x = y) by nia. split; [done|]. subst. lia. Qed.

(** An aligned block of at most the identifiers that share the first byte. *)
Lemma block_inside k x y f l : block k (x :: f) (y :: l) -> k <= 8 * zlen f ->
  x = y /\ block k f l.
Proof.
  intros (Hf & Hl & Hlen & Hk & Hm & Hn) Hkf. apply Forall_cons in Hf as [Hx Hf], Hl as [Hy Hl].
  assert (Hlen' : length f = length l) by (simpl in Hlen; lia).
  assert (Hz : zlen l = zlen f) by (unfold zlen; lia).
  rewrite !num_cons, Hz in *. pose proof (num_bound f Hf). pose proof (num_bound l Hl).
  rewrite Hz in *. set (M := 2 ^ (8 * zlen f)) in *.
  assert (HM : M = 2 ^ (8 * zlen f - k) * 2 ^ k) by (unfold M; rewrite <- Z.pow_add_r by lia; f_equal; lia).
  assert (0 < 2 ^ k) by (apply Z.pow_pos_nonneg; lia).
  set (m := 2 ^ (8 * zlen f - k)) in *.
  assert (HF : num f mod 2 ^ k = 0).
  { rewrite HM in Hm. replace (x * (m * 2 ^ k) + num f) with (num f + (x * m) * 2 ^ k) in Hm by ring.
    by rewrite Z.mod_add in Hm by lia. }
  apply Z.mod_divide in HF as [q Hq]; [|lia].
  assert (q < m) by nia. assert (num f + 2 ^ k <= M) by nia.
  destruct (divide_unique M y x (num l) (num f + 2 ^ k - 1)) as [-> He]; [lia..|].
  split; [done|]. split_and!; [done..|lia|lia|by rewrite Hq, Z.mod_mul by lia|done].
Qed.

(** A block of whole bytes: the first byte runs over an aligned block and the
    others over everything. *)
Lemma block_across k x y f l : block k (x :: f) (y :: l) -> 8 * zlen f < k ->
  let j := k - 8 * zlen f in
  1 <= j <= 8 /\ x mod 2 ^ j = 0 /\ y = x + 2 ^ j - 1 /\ num f = 0 /\ num l = 2 ^ (8 * zlen f) - 1.
Proof.
  intros (Hf & Hl & Hlen & Hk & Hm & Hn) Hkf j. apply Forall_cons in Hf as [Hx Hf], Hl as [Hy Hl].
  assert (Hz : zlen l = zlen f) by (unfold zlen; simpl in Hlen; lia).
  assert (Hz' : zlen (x :: f) = zlen f + 1) by (unfold zlen; simpl; lia).
  pose proof (zlen_nonneg f). split; [lia|].
  rewrite !num_cons, Hz in *. pose proof (num_bound f Hf). pose proof (num_bound l Hl).
  rewrite Hz in *. set (M := 2 ^ (8 * zlen f)) in *.
  assert (Hkj : 2 ^ k = M * 2 ^ j) by (unfold M; rewrite <- Z.pow_add_r by lia; f_equal; lia).
  assert (0 < 2 ^ j) by (apply Z.pow_pos_nonneg; lia). rewrite Hkj in *.
  apply Z.mod_divide in Hm as [q Hq]; [|lia].
  destruct (divide_unique M x (q * 2 ^ j) (num f) 0) as [-> HF]; [lia..|].
  destruct (divide_unique M y (q * 2 ^ j + 2 ^ j - 1) (num l) (M - 1)) as [-> HL]; [lia..|].
  split_and!; [by rewrite Z.mod_mul by lia|lia|done|done].
Qed.

Lemma mid_point_num k f l : block k f l -> 1 <= k ->
  Forall is_u8 (mid_point f l) /\ length (mid_point f l) = length f /\
  num (mid_point f l) = num f + 2 ^ (k - 1) - 1.
Proof.
  revert l. induction f as [|x f IH]; intros [|y l] Hb Hk; try by destruct Hb as (_ & _ & ? & _).
  { destruct Hb as (_ & _ & _ & Hk' & _). unfold zlen in Hk'. simpl in Hk'. lia. }
  pose proof Hb as (Hf & Hl & Hlen & Hkb & _). apply Forall_cons in Hf as [Hx Hf], Hl as [Hy Hl].
  assert (Hz : zlen l = zlen f) by (unfold zlen; simpl in Hlen; lia).
  cbn [mid_point]. destruct (Z_le_gt_dec k (8 * zlen f)) as [Hin|Hac].
  - destruct (block_inside k x y f l Hb Hin) as [-> Hb']. rewrite Z.eqb_refl. cbn [negb].
    destruct (IH l Hb' Hk) as (H1 & H2 & H3).
    split_and!; [by constructor|simpl; lia|]. rewrite !num_cons, H3.
    assert (Hzm : zlen (mid_point f l) = zlen f) by (unfold zlen; lia). rewrite Hzm. lia.
  - destruct (block_across k x y f l Hb ltac:(lia)) as (Hj & Hxm & -> & HF & HL).
    pose proof (zlen_nonneg f).
    set (j := k - 8 * zlen f) in *.
    assert (Hp : 2 ^ j = 2 * 2 ^ (j - 1)) by (rewrite <- Z.pow_succ_r by lia; f_equal; lia).
    assert (0 < 2 ^ (j - 1)) by (apply Z.pow_pos_nonneg; lia).
    rewrite (proj2 (Z.eqb_neq x (x + 2 ^ j - 1))) by lia. cbn [negb].
    assert (Hmid : (x + (x + 2 ^ j - 1)) / 2 = x + 2 ^ (j - 1) - 1).
    { symmetry. apply (Z.div_unique_pos _ 2 _ 1); lia. }
    rewrite Hmid. unfold is_u8 in *. split_and!; [constructor; [unfold is_u8 in *; lia|done]|done|].
    rewrite !num_cons, Hz, HL, HF.
    replace (2 ^ (k - 1)) with (2 ^ (j - 1) * 2 ^ (8 * zlen f))
      by (rewrite <- Z.pow_add_r by lia; f_equal; lia). lia.
Qed.

Lemma increment_num h : Forall is_u8 h ->
  let '(r, c) := increment h in
  Forall is_u8 r /\ length r = length h /\ 0 <= c <= 1 /\
  num r + c * 2 ^ (8 * zlen h) = num h + 1.
Proof.
  induction h as [|x h IH]; intros Hb; [done|]. apply Forall_cons in Hb as [Hx Hb].
  specialize (IH Hb). cbn [increment]. destruct (increment h) as [r c].
  destruct IH as (Hr & Hl & Hc & He). unfold is_u8 in Hx. rewrite Z.shiftr_div_pow2 by lia.
  assert (Hz : zlen r = zlen h) by (unfold zlen; lia).
  assert (Hs : 0 <= (x + c) / 2 ^ 8 <= 1) by (change (2 ^ 8) with 256; Z.to_euclidean_division_equations; lia).
  split_and!; [constructor; [apply u8_range|done]|simpl; lia|lia|lia|].
  rewrite !num_cons, Hz. unfold u8.
  assert (Hz' : zlen (x :: h) = zlen h + 1) by (unfold zlen; simpl; lia). rewrite Hz'.
  pose proof (zlen_nonneg h).
  replace (8 * (zlen h + 1)) with (8 * zlen h + 8) by lia. rewrite Z.pow_add_r by lia.
  pose proof (Z.div_mod (x + c) (2 ^ 8) ltac:(lia)). nia.
Qed.

(** The two halves of a block. *)
Lemma block_halves k f l : block k f l -> 1 <= k -> 
  let mid := mid_point f l in
  block (k - 1) f mid /\ block (k - 1) (fst (increment mid)) l /\
  num (fst (increment mid)) = num mid + 1.
Proof.
  intros Hb Hk mid. destruct (mid_point_num k f l Hb Hk) as (Hm1 & Hm2 & Hm3). fold mid in Hm1, Hm2, Hm3.
  pose proof Hb as (Hf & Hl & Hlen & Hkb & Hmod & Hn).
  assert (Hzm : zlen mid = zlen f) by (unfold zlen; lia).
  assert (Hp : 2 ^ k = 2 * 2 ^ (k - 1)) by (rewrite <- Z.pow_succ_r by lia; f_equal; lia).
  assert (Hpos : 0 < 2 ^ (k - 1)) by (apply Z.pow_pos_nonneg; lia).
  pose proof (increment_num mid Hm1) as Hi. destruct (increment mid) as [r c]. cbn [fst].
  destruct Hi as (Hr & Hrl & Hc & He).
  pose proof (num_bound l Hl). pose proof (num_bound r Hr). pose proof (num_bound f Hf).
  assert (Hzl : zlen l = zlen f) by (unfold zlen; lia).
  assert (Hzr : zlen r = zlen f) by (unfold zlen; lia). rewrite Hzm, Hzl, Hzr in *.
  assert (Hnr : num r = num mid + 1) by (assert (c = 0 \/ c = 1) as [-> | ->] by lia; lia).
  apply Z.mod_divide in Hmod as [q Hq]; [|lia].
  unfold block. split_and!; try done; try lia.
  - rewrite Hq, Hp. replace (q * (2 * 2 ^ (k - 1))) with ((q * 2) * 2 ^ (k - 1)) by ring.
    apply Z.mod_mul. lia.
  - rewrite Hnr, Hm3, Hq, Hp.
    replace (q * (2 * 2 ^ (k - 1)) + 2 ^ (k - 1) - 1 + 1) with ((q * 2 + 1) * 2 ^ (k - 1)) by ring.
    apply Z.mod_mul. lia.
Qed.

Lemma random_id_bytes rand f l : length f = length l ->
  Forall is_u8 (random_id rand f l) /\ length (random_id rand f l) = length f.
Proof.
  revert rand l. induction f as [|x f IH]; intros rand [|y l] Hl; try done. cbn [random_id].
  destruct (IH (fun i => rand (S i)) l) as [H1 H2]; [simpl in Hl; lia|].
  split; [constructor; [apply u8_range|done]|simpl; lia].
Qed.

(** The random byte stays in an aligned block of bytes, although the bytes are
    signed. *)
Lemma random_byte r x j : is_u8 x -> 1 <= j <= 8 -> x mod 2 ^ j = 0 -> x + 2 ^ j - 1 < 256 ->
  u8 (Object.schar x + Z.land r (Object.schar (x + 2 ^ j - 1) - Object.schar x)) = x + r mod 2 ^ j.
Proof.
  intros Hx Hj Hm Hy. unfold is_u8, u8 in *. unfold Object.schar.
  assert (Hp : 0 < 2 ^ j) by (apply Z.pow_pos_nonneg; lia).
  assert (Hones : 2 ^ j - 1 = Z.ones j) by (rewrite Z.ones_equiv; lia).
  destruct (Z.eq_dec j 8) as [->|Hj8].
  - apply Z.mod_divide in Hm as [q Hq]; [|lia]. change (2 ^ 8) with 256 in *. assert (x = 0) as -> by lia.
    cbn. change (-1) with (-1). rewrite Z.land_m1_r. done.
  - assert (Hb : 2 ^ j <= 2 ^ 7) by (apply Z.pow_le_mono_r; lia).
    assert (Hr : 0 <= r mod 2 ^ j < 2 ^ j) by (apply Z.mod_pos_bound; lia).
    destruct (Z.ltb_spec x 128).
    + assert (Hs : (x + 2 ^ j - 1 <? 128) = true).
      { apply Z.ltb_lt. apply Z.mod_divide in Hm as [q Hq]; [|lia].
        assert (H7 : 2 ^ 7 = 2 ^ (7 - j) * 2 ^ j) by (rewrite <- Z.pow_add_r by lia; f_equal; lia).
        change (2 ^ 7) with 128 in *. set (m := 2 ^ (7 - j)) in *.
        assert (q < m) by (apply (Z.mul_lt_mono_pos_r (2 ^ j)); lia).
        assert ((q + 1) * 2 ^ j <= m * 2 ^ j) by (apply Z.mul_le_mono_nonneg_r; lia). lia. }
      rewrite Hs. replace (x + 2 ^ j - 1 - x) with (Z.ones j) by lia. rewrite Z.land_ones by lia.
      apply Z.mod_small. lia.
    + rewrite (proj2 (Z.ltb_ge (x + 2 ^ j - 1) 128)) by lia.
      replace (x + 2 ^ j - 1 - 256 - (x - 256)) with (Z.ones j) by lia. rewrite Z.land_ones by lia.
      replace (x - 256 + r mod 2 ^ j) with ((x + r mod 2 ^ j) + (-1) * 2 ^ 8) by lia.
      rewrite Z.mod_add by lia. apply Z.mod_small. lia.
Qed.

Lemma random_id_range k rand f l : block k f l ->
  num f <= num (random_id rand f l) <= num l.
Proof.
  revert rand l. induction f as [|x f IH]; intros rand [|y l] Hb; try by destruct Hb as (_ & _ & ? & _).
  pose proof Hb as (Hf & Hl & Hlen & Hkb & _). apply Forall_cons in Hf as [Hx Hf], Hl as [Hy Hl].
  assert (Hlen' : length f = length l) by (simpl in Hlen; lia).
  assert (Hz : zlen l = zlen f) by (unfold zlen; lia).
  cbn [random_id]. destruct (random_id_bytes (fun i => rand (S i)) f l Hlen') as [Hr1 Hr2].
  assert (Hzr : zlen (random_id (fun i => rand (S i)) f l) = zlen f) by (unfold zlen; lia).
  pose proof (num_bound _ Hr1) as Hnr. rewrite Hzr in Hnr.
  rewrite !num_cons, Hz, Hzr.
  destruct (Z_le_gt_dec k (8 * zlen f)) as [Hin|Hac].
  - destruct (block_inside k x y f l Hb Hin) as [-> Hb']. rewrite Z.sub_diag, Z.land_0_r, Z.add_0_r.
    assert (Hu : u8 (Object.schar y) = y).
    { unfold u8, Object.schar, is_u8 in *. destruct (Z.ltb_spec y 128); [apply Z.mod_small; lia|].
      replace (y - 256) with (y + (-1) * 2 ^ 8) by lia. rewrite Z.mod_add by lia. apply Z.mod_small. lia. }
    rewrite Hu. specialize (IH (fun i => rand (S i)) l Hb'). lia.
  - destruct (block_across k x y f l Hb ltac:(lia)) as (Hj & Hxm & -> & HF & HL).
    set (j := k - 8 * zlen f) in *. unfold is_u8 in Hx, Hy. rewrite random_byte by (done || lia).
    assert (0 <= rand O mod 2 ^ j < 2 ^ j) by (apply Z.mod_pos_bound, Z.pow_pos_nonneg; lia).
    rewrite HF, HL. nia.
Qed.

(** ** Nodes of a bucket *)

Lemma erase_first_spec id l : NoDup l ->
  match erase_first id l with
  | None => (id ∉ l)
  | Some r => (id ∈ l) /\ (id ∉ r) /\ NoDup r /\ length l = S (length r) /\
              (forall x, x ∈ r <-> x ∈ l /\ x <> id)
  end.
Proof.
  induction l as [|y l IH]; intros Hn; cbn [erase_first]; [apply not_elem_of_nil|].
  apply NoDup_cons in Hn as [Hy Hn]. specialize (IH Hn). case_bool_decide as He.
  - subst y. split_and!; [left|done|done|done|]. intros x. rewrite elem_of_cons. split.
    + intros Hx. split; [by right|]. by intros ->.
    + by intros [[?|?] ?].
  - destruct (erase_first id l) as [r|]; simpl.
    + destruct IH as (H1 & H2 & H3 & H4 & H5). split_and!.
      * by right.
      * rewrite not_elem_of_cons. done.
      * apply NoDup_cons. split; [|done]. rewrite H5. tauto.
      * lia.
      * intros x. rewrite !elem_of_cons, H5. split; [|tauto]. intros [->|[? ?]]; tauto.
    + rewrite not_elem_of_cons. done.
Qed.

(** A property of the node a pointer leads to. *)
Definition node_is (p : DhtNode -> bool) (nodes : NodeMap) (id : bytes) : bool :=
  match nodes !! id with Some n => p n | None => false end.

Lemma count_nodes_ok p nodes l : (forall id, id ∈ l -> is_Some (nodes !! id)) ->
  count_nodes p nodes l = Ok (Z.of_nat (count (node_is p nodes) l)).
Proof.
  intros Hl. induction l as [|id l IH]; [done|]. cbn [count_nodes].
  destruct (Hl id ltac:(left)) as [n Hn]. unfold get_node. rewrite Hn. res_simpl.
  rewrite IH by (intros; apply Hl; by right). res_simpl. rewrite count_cons.
  unfold node_is at 2. rewrite Hn. f_equal. destruct (p n); simpl; lia.
Qed.

(** ** The cache of compact nodes *)

(** The buckets from the widest to the narrowest, each linked to the next. *)
Definition linked (buckets : BucketMap) (chain : list nat) : Prop :=
  forall i h, chain !! i = Some h -> exists b, buckets !! h = Some b /\
    m_parent b = match i with O => None | S j => chain !! j end /\ m_child b = chain !! S i.

(** The buckets that a chain visits, in order. *)
Inductive visits (buckets : BucketMap) : DhtBucketChain -> list nat -> Prop :=
  | visits_last c : chain_next buckets c = Ok None -> visits buckets c [m_cur c]
  | visits_next c c' vs : chain_next buckets c = Ok (Some c') -> visits buckets c' vs ->
      visits buckets c (m_cur c :: vs).

Lemma visits_up buckets chain i h : linked buckets chain -> chain !! i = Some h ->
  visits buckets (mkChain None h) (reverse (take (S i) chain)).
Proof.
  intros Hl. revert h. induction i as [|i IH]; intros h Hh; destruct (Hl _ _ Hh) as (b & Hb & Hp & _).
  - destruct chain as [|h' chain]; [done|]. simpl in Hh. injection Hh as ->. simpl.
    rewrite take_0. apply visits_last. unfold chain_next, get_bucket. simpl. rewrite Hb. res_simpl. by rewrite Hp.
  - assert (Hi : is_Some (chain !! i)) by (apply lookup_lt_is_Some; apply lookup_lt_Some in Hh; lia).
    destruct Hi as [g Hg]. rewrite (take_S_r _ _ _ Hh), reverse_app. simpl.
    eapply (visits_next _ (mkChain None h)); [|by apply IH].
    unfold chain_next, get_bucket. simpl. rewrite Hb. res_simpl. by rewrite Hp, Hg.
Qed.

Lemma visits_down buckets chain i h j g : linked buckets chain ->
  chain !! i = Some h -> chain !! j = Some g -> (i <= j)%nat ->
  visits buckets (mkChain (Some h) g) (drop j chain ++ reverse (take i chain)).
Proof.
  intros Hl Hh. remember (length chain - j)%nat as n eqn:Hn. revert j g Hn.
  induction n as [|n IH]; intros j g Hn Hg Hij; destruct (Hl _ _ Hg) as (b & Hb & _ & Hc).
  { apply lookup_lt_Some in Hg. lia. }
  rewrite (drop_S _ _ _ Hg). destruct (chain !! S j) as [g'|] eqn:Hg'.
  - simpl. eapply (visits_next _ (mkChain (Some h) g)); [|apply (IH (S j)); [lia|done|lia]].
    unfold chain_next, get_bucket. simpl. rewrite Hb. res_simpl. by rewrite Hc.
  - rewrite drop_ge by (apply lookup_ge_None in Hg'; lia). simpl.
    destruct (Hl _ _ Hh) as (bh & Hbh & Hp & _).
    assert (Hn' : chain_next buckets (mkChain (Some h) g) = Ok (mkChain None <$> m_parent bh)).
    { unfold chain_next, get_bucket. simpl. rewrite Hb. res_simpl. rewrite Hc, Hbh. done. }
    destruct i as [|i].
    + rewrite take_0. apply (visits_last _ (mkChain (Some h) g)). by rewrite Hn', Hp.
    + assert (Hi : is_Some (chain !! i)) by (apply lookup_lt_is_Some; apply lookup_lt_Some in Hh; lia).
      destruct Hi as [e He]. rewrite Hp, He in Hn'.
      eapply (visits_next _ (mkChain (Some h) g)); [exact Hn'|]. by apply visits_up.
Qed.

Section cache_facts.
Context `{ByteOrder}.

(** A pointer to an existing IPv4 node. *)
Definition node_inet (nodes : NodeMap) (id : bytes) : Prop :=
  exists n sin, nodes !! id = Some n /\ n_id n = id /\ is_hash id /\ m_socket_address n = AF_INET sin.

Definition compact_of (nodes : NodeMap) (id : bytes) : bytes :=
  match nodes !! id with
  | Some n => match m_socket_address n with AF_INET sin => n_id n ++ compact_str sin | _ => [] end
  | None => []
  end.

Definition not_bad (nodes : NodeMap) (id : bytes) : Prop := node_is is_bad nodes id = false.
#[global] Instance not_bad_dec nodes id : Decision (not_bad nodes id).
Proof. unfold not_bad. apply _. Defined.

Lemma compact_of_length nodes id : node_inet nodes id -> length (compact_of nodes id) = 26%nat.
Proof.
  intros (n & sin & Hn & Hi & [Hl _] & Ha). unfold compact_of.
  rewrite Hn, Ha, Hi, length_app, compact_str_length, Hl. done.
Qed.

Lemma concat_compact_length nodes l : Forall (node_inet nodes) l ->
  length (concat (compact_of nodes <$> l)) = (26 * length l)%nat.
Proof.
  induction l as [|id l IH]; intros Hl; [done|]. apply Forall_cons in Hl as [Hid Hl].
  rewrite fmap_cons. cbn [concat length]. rewrite length_app, compact_of_length, IH by done. lia.
Qed.

(** The entries of [l] that still fit after those of [done_]. *)
Lemma cache_nodes_spec nodes l m pos : Forall (node_inet nodes) l -> (m <= 8)%nat ->
  length pos = (26 * m)%nat ->
  cache_nodes nodes l pos = Ok (pos ++ concat (compact_of nodes <$> take (8 - m) (filter (not_bad nodes) l))).
Proof.
  intros Hl. revert m pos. induction l as [|id l IH]; intros m pos Hm Hp; cbn [cache_nodes].
  { by rewrite filter_nil, take_nil, app_nil_r. }
  apply Forall_cons in Hl as [Hid Hl]. unfold full_cache_size, num_nodes.
  destruct (Nat.ltb_spec (length pos) (8 * 26)).
  - pose proof (compact_of_length nodes id Hid) as Hcl.
    destruct Hid as (n & sin & Hn & Hi & Hh & Ha). unfold get_node. rewrite Hn. res_simpl.
    rewrite filter_cons. destruct (is_bad n) eqn:Eb.
    + rewrite decide_False by (unfold not_bad, node_is; by rewrite Hn, Eb). by apply IH.
    + rewrite decide_True by (unfold not_bad, node_is; by rewrite Hn, Eb).
      unfold store_compact. unfold compact_of in Hcl. rewrite Hn, Ha in Hcl. rewrite Ha. res_simpl.
      rewrite (proj2 (Nat.ltb_ge _ _)) by (rewrite (length_app pos); lia). res_simpl.
      rewrite (IH Hl (S m)) by (rewrite ?(length_app pos); lia).
      replace (8 - m)%nat with (S (8 - S m)) by lia. cbn [take]. rewrite fmap_cons. cbn [concat].
      unfold compact_of at 2. rewrite Hn, Ha. by rewrite <- app_assoc.
  - replace (8 - m)%nat with 0%nat by lia. by rewrite take_0, app_nil_r.
Qed.

Definition nodes_of (buckets : BucketMap) (h : nat) : list bytes :=
  match buckets !! h with Some b => b_nodes b | None => [] end.

Lemma cache_loop_spec nodes buckets c vs : visits buckets c vs -> forall fuel m pos,
  (length vs <= fuel)%nat -> (m <= 8)%nat -> length pos = (26 * m)%nat ->
  Forall (fun h => is_Some (buckets !! h) /\ Forall (node_inet nodes) (nodes_of buckets h)) vs ->
  cache_loop fuel nodes buckets c pos =
  Ok (pos ++ concat (compact_of nodes <$>
    take (8 - m) (filter (not_bad nodes) (concat (nodes_of buckets <$> vs))))).
Proof.
  induction 1 as [c Hn|c c' vs Hn Hv IH]; intros fuel m pos Hf Hm Hp Hall;
    (destruct fuel as [|fuel]; [simpl in Hf; lia|]); cbn [cache_loop];
    apply Forall_cons in Hall as [[Hb Hns] Hall]; destruct Hb as [b Hb]; unfold get_bucket; rewrite Hb;
    unfold nodes_of in Hns; rewrite Hb in Hns; res_simpl;
    rewrite (cache_nodes_spec nodes (b_nodes b) m pos) by done; res_simpl;
    set (l1 := filter (not_bad nodes) (b_nodes b));
    assert (Hl1 : Forall (node_inet nodes) (take (8 - m) l1))
      by (apply Forall_take; unfold l1; rewrite list.Forall_forall in Hns |- *;
          intros x [_ Hx]%list_elem_of_filter; auto);
    pose proof (concat_compact_length nodes _ Hl1) as Hlen; rewrite length_take in Hlen.
  - rewrite Hn. res_simpl. rewrite !fmap_cons. cbn [concat fmap list_fmap]. rewrite app_nil_r.
    unfold nodes_of. rewrite Hb. fold l1. by destruct (_ <? _)%nat.
  - rewrite Hn, !fmap_cons. cbn [concat]. unfold nodes_of at 1. rewrite Hb, filter_app. fold l1.
    rewrite take_app, fmap_app, concat_app. unfold full_cache_size, num_nodes. rewrite length_app, Hlen.
    destruct (Nat.ltb_spec (length pos + 26 * ((8 - m) `min` length l1)) (8 * 26)); res_simpl.
    + rewrite (IH fuel (m + length l1)%nat); [|simpl in Hf; lia|lia|rewrite length_app, Hlen; lia|done].
      rewrite <- app_assoc. do 4 f_equal. by rewrite Nat.sub_add_distr.
    + replace (8 - m - length l1)%nat with 0%nat by lia. rewrite take_0. by rewrite app_nil_r.
Qed.

(** The buckets nearest to bucket [i] of the chain: its children, which are
    closer, then its parents. *)
Definition nearest (chain : list nat) (i : nat) : list nat := drop i chain ++ reverse (take i chain).

Lemma full_bucket_spec nodes buckets chain i h b :
  linked buckets chain -> NoDup chain -> (length chain <= base.size buckets)%nat ->
  Forall (fun h => Forall (node_inet nodes) (nodes_of buckets h)) chain ->
  chain !! i = Some h -> buckets !! h = Some b -> m_fullCacheLength b = 0%nat ->
  let answer := concat (compact_of nodes <$>
    take 8 (filter (not_bad nodes) (concat (nodes_of buckets <$> nearest chain i)))) in
  exists buckets', full_bucket nodes buckets h = Ok (answer, buckets') /\
    (length answer <= 208)%nat /\
    buckets' = <[h := with_cache b (length answer) answer]> buckets.
Proof.
  intros Hl Hnd Hsz Hns Hh Hb Hc answer.
  pose proof (visits_down buckets chain i h i h Hl Hh Hh (le_n i)) as Hv. fold (nearest chain i) in Hv.
  assert (Hp : nearest chain i ≡ₚ chain).
  { unfold nearest. rewrite reverse_Permutation, Permutation_app_comm. by rewrite take_drop. }
  assert (Hall : Forall (fun h => is_Some (buckets !! h) /\ Forall (node_inet nodes) (nodes_of buckets h))
    (nearest chain i)).
  { rewrite Hp. apply Forall_forall. intros g Hg. rewrite Forall_forall in Hns. split; [|by apply Hns].
    apply list_elem_of_lookup in Hg as [j Hj]. destruct (Hl j g Hj) as (bg & Hbg & _). by exists bg. }
  assert (Hbuild : cache_loop (base.size buckets) nodes buckets (mkChain (Some h) h) [] = Ok answer).
  { rewrite (cache_loop_spec nodes buckets _ _ Hv _ 0%nat []); [done|by rewrite Hp|lia|done|done]. }
  exists (<[h := with_cache b (length answer) answer]> buckets). split_and!; [| |done].
  - unfold full_bucket, build_full_cache, get_bucket. rewrite Hb. res_simpl. rewrite Hc. cbn [Nat.eqb].
    rewrite Hbuild. res_simpl. rewrite lookup_insert_eq. res_simpl.
    cbn [m_fullCacheLength m_fullCache with_cache]. by rewrite take_ge by done.
  - unfold answer. rewrite concat_compact_length; [rewrite length_take; lia|].
    apply Forall_take. apply Forall_forall. intros x [_ Hx]%list_elem_of_filter.
    apply list_elem_of_In, in_concat in Hx as (l & Hin & Hx%list_elem_of_In).
    apply list_elem_of_In, list_elem_of_fmap in Hin as (g & -> & Hg).
    rewrite Forall_forall in Hall. destruct (Hall g Hg) as [_ Hg'].
    rewrite Forall_forall in Hg'. by apply Hg'.
Qed.
(** A bucket whose cache is invalid answers with the compact form of the
    first eight nodes that are not bad among its own, its children's and its
    parents', in this order; that is at most 208 bytes, and the walk ends. *)
Theorem full_bucket_closest nodes buckets chain i h b :
  linked buckets chain -> NoDup chain -> (length chain <= base.size buckets)%nat ->
  Forall (fun h => Forall (node_inet nodes) (nodes_of buckets h)) chain ->
  chain !! i = Some h -> buckets !! h = Some b -> m_fullCacheLength b = 0%nat ->
  let answer := concat (compact_of nodes <$>
    take 8 (filter (not_bad nodes) (concat (nodes_of buckets <$> nearest chain i)))) in
  exists buckets', full_bucket nodes buckets h = Ok (answer, buckets') /\
    (length answer <= 208)%nat /\
    buckets' = <[h := with_cache b (length answer) answer]> buckets.
Proof. apply full_bucket_spec. Qed.
End cache_facts.

(** The identifiers [0 .. 255] with one node, alone in the table. *)
Definition example_id : bytes := replicate 19 0 ++ [7].
Definition example_nodes : NodeMap :=
  {[ example_id := mkNode example_id (AF_INET (mkSin 16777343 20480)) 0 false 0 (Some 0%nat) ]}.
Definition example_buckets : BucketMap :=
  {[ 0%nat := mkBucket [example_id] None None 0 0 0 0 (replicate 20 0) (replicate 19 0 ++ [255]) [] ]}.

Lemma full_bucket_closest_witness :
  exists buckets', full_bucket (H := true) example_nodes example_buckets 0 =
    Ok (example_id ++ [127; 0; 0; 1; 0; 80], buckets').
Proof.
  destruct (full_bucket_closest (H := true) example_nodes example_buckets [0%nat] 0 0
    (mkBucket [example_id] None None 0 0 0 0 (replicate 20 0) (replicate 19 0 ++ [255]) []))
    as (b' & Hf & _).
  - intros [|i] h Hh; [|done]. injection Hh as <-. by eexists.
  - apply NoDup_singleton.
  - vm_compute. lia.
  - constructor; [|constructor]. constructor; [|constructor]. eexists _, _. split; [reflexivity|].
    split; [done|]. split; [|done]. split; [done|]. repeat (constructor; [unfold is_u8; lia|]). constructor.
  - done.
  - done.
  - done.
  - exists b'. rewrite Hf. f_equal.
Defined.

(** A random identifier for a bucket lies in its range, although the code
    computes with signed characters. *)
Theorem random_id_in_range k rand b :
  block k (m_begin b) (m_end b) -> is_hash (m_begin b) ->
  is_hash (get_random_id rand b) /\ is_in_range b (get_random_id rand b) = true.
Proof.
  intros Hb Hh. pose proof Hb as (_ & He & Hl & _). destruct Hh as [Hh1 Hh2].
  destruct (random_id_bytes rand (m_begin b) (m_end b) Hl) as [H1 H2].
  assert (Hr : is_hash (get_random_id rand b)) by (split; [unfold get_random_id; congruence|done]).
  split; [done|]. unfold is_in_range. rewrite !hash_le_num by (done || split; (done || congruence)).
  pose proof (random_id_range k rand _ _ Hb) as [H3 H4].
  apply andb_true_iff. split; by apply Z.leb_le.
Qed.

Lemma random_id_in_range_witness :
  let b := new_bucket 0 (replicate 19 0 ++ [128]) (replicate 19 0 ++ [255]) in
  is_in_range b (get_random_id (fun i => 1000003 * Z.of_nat i + 77) b) = true.
Proof.
  apply (random_id_in_range 7).
  - unfold block. split_and!; try done; try lia;
      repeat (constructor; [unfold is_u8; lia|]); constructor.
  - split; [done|]. repeat (constructor; [unfold is_u8; lia|]). constructor.
Defined.
End DhtBucket.

(** ** Peers announced for a torrent *)

Module DhtTracker.

Definition max_peers : nat := 32.
Definition max_size : nat := 128.

(** A peer is its address and its port, as the host reads them. *)
Record DhtTracker := mkTracker { m_peers : list (Z * Z); m_lastSeen : list Z }.

Definition new_tracker : DhtTracker := mkTracker [] [].
Definition tracker_size (t : DhtTracker) : nat := length (m_peers t).
Definition tracker_empty (t : DhtTracker) : bool := match m_peers t with [] => true | _ => false end.

(** The search of [add_peer]: the place of the address, or of the oldest peer. *)
Fixpoint find_peer (i : nat) (peers : list (Z * Z)) (seen : list Z) (addr : Z) (oldest : nat) (minSeen : Z)
    : res (nat + nat) :=
  match peers, seen with
  | [], _ => Ok (inr oldest)
  | _ :: _, [] => UB
  | (a, _) :: peers, t :: seen =>
      if a =? addr then Ok (inl i)
      else if t <? minSeen then find_peer (S i) peers seen addr i t
      else find_peer (S i) peers seen addr oldest minSeen
  end.

Definition add_peer (now : Z) (t : DhtTracker) (addr_n port : Z) : res DhtTracker :=
  if port =? 0 then Ok t else
  r ← find_peer 0 (m_peers t) (m_lastSeen t) addr_n 0 (2 ^ 32 - 1);
  match r with
  | inl i => Ok (mkTracker (<[i := (addr_n, port)]> (m_peers t)) (<[i := u32 now]> (m_lastSeen t)))
  | inr oldest =>
      if (tracker_size t <? max_size)%nat then
        Ok (mkTracker (m_peers t ++ [(addr_n, port)]) (m_lastSeen t ++ [u32 now]))
      else
        _ ← ub_when (negb (oldest <? tracker_size t)%nat);
        Ok (mkTracker (<[oldest := (addr_n, port)]> (m_peers t)) (<[oldest := u32 now]> (m_lastSeen t)))
  end.

(** The first and the number of the peers returned; the pointers to the first
    and behind the last entry are taken as positions. *)
Definition peers_range (rand : Z) (size maxPeers : nat) : res (nat * nat) :=
  if (maxPeers <? size)%nat then
    _ ← ub_when (maxPeers =? 0)%nat;
    let blocks := Z.of_nat ((size + maxPeers - 1) / maxPeers) in
    Ok (Z.to_nat ((rand mod blocks) * Z.of_nat (size - maxPeers) / (blocks - 1)), maxPeers)
  else Ok (O, size).

Section host.
Context `{ByteOrder}.

(** [BencodeAddress] in memory. *)
Definition bencode_address (p : Z * Z) : bytes := 54 :: 58 :: compact_str (mkSin (fst p) (snd p)).

Definition get_peers (rand : Z) (t : DhtTracker) (maxPeers : nat) : res bytes :=
  '(first, n) ← peers_range rand (tracker_size t) maxPeers;
  Ok (concat (bencode_address <$> take n (drop first (m_peers t)))).
End host.

(** The loop that clears the ports of old peers. *)
Fixpoint clear_old (minSeen : Z) (peers : list (Z * Z)) (seen : list Z) : res (list (Z * Z)) :=
  match seen, peers with
  | [], _ => Ok peers
  | t :: seen, p :: peers =>
      r ← clear_old minSeen peers seen;
      Ok ((if t <? minSeen then (fst p, 0) else p) :: r)
  | t :: seen, [] => if t <? minSeen then UB else clear_old minSeen [] seen
  end.

Definition prune (now : Z) (t : DhtTracker) (maxAge : Z) : res DhtTracker :=
  let minSeen := u32 (now - maxAge) in
  peers ← clear_old minSeen (m_peers t) (m_lastSeen t);
  let peers := filter (fun p => snd p <> 0) peers in
  let seen := filter (fun s => ~ s < minSeen) (m_lastSeen t) in
  _ ← throw_when (negb (length peers =? length seen)%nat) internal_error;
  Ok (mkTracker peers seen).

(** ** Facts *)

Definition tracker_ok (t : DhtTracker) : Prop :=
  length (m_peers t) = length (m_lastSeen t) /\ (tracker_size t <= max_size)%nat /\
  NoDup (fst <$> m_peers t) /\ Forall (fun p => snd p <> 0) (m_peers t) /\
  Forall is_u32 (m_lastSeen t).

(** What the search finds, from place [i] on. *)
Lemma find_peer_spec addr seen : forall i peers oldest minSeen,
  length peers = length seen ->
  match find_peer i peers seen addr oldest minSeen with
  | Ok (inl j) => exists k p, j = (i + k)%nat /\ peers !! k = Some (addr, p)
  | Ok (inr j) => (addr ∉ (fst <$> peers)) /\
      ((j = oldest /\ Forall (fun t => minSeen <= t) seen) \/
       exists k t, j = (i + k)%nat /\ seen !! k = Some t /\ t < minSeen /\ Forall (fun t' => t <= t') seen)
  | _ => False
  end.
Proof.
  induction seen as [|t seen IH]; intros i [|[a p] peers] oldest minSeen Hl; try done.
  { simpl. split; [apply not_elem_of_nil|]. by left. }
  cbn [find_peer]. destruct (Z.eqb_spec a addr) as [->|Hne].
  { exists 0%nat, p. split; [lia|done]. }
  assert (Hni : forall l : list (Z * Z), (addr ∉ (fst <$> l)) -> (addr ∉ (fst <$> (a, p) :: l))).
  { intros l Hx. rewrite fmap_cons. apply not_elem_of_cons. split; [simpl; congruence|done]. }
  destruct (Z.ltb_spec t minSeen) as [Hlt|Hge].
  - specialize (IH (S i) peers i t ltac:(simpl in Hl; lia)).
    destruct (find_peer (S i) peers seen addr i t) as [[j|j]|e|]; [| |done..].
    + destruct IH as (k & q & -> & Hq). exists (S k), q. split; [lia|done].
    + destruct IH as [Hn [[-> Hall]|(k & t' & -> & Hk & Hlt' & Hall)]]; (split; [auto|]).
      * right. exists 0%nat, t. split_and!; [lia|done|done|]. by constructor.
      * right. exists (S k), t'. split_and!; [lia|done|lia|]. constructor; [lia|done].
  - specialize (IH (S i) peers oldest minSeen ltac:(simpl in Hl; lia)).
    destruct (find_peer (S i) peers seen addr oldest minSeen) as [[j|j]|e|]; [| |done..].
    + destruct IH as (k & q & -> & Hq). exists (S k), q. split; [lia|done].
    + destruct IH as [Hn [[-> Hall]|(k & t' & -> & Hk & Hlt' & Hall)]]; (split; [auto|]).
      * left. split; [done|]. by constructor.
      * right. exists (S k), t'. split_and!; [lia|done|done|]. constructor; [lia|done].
Qed.

Lemma insert_ok t i a port seen : tracker_ok t -> (i < tracker_size t)%nat -> port <> 0 -> is_u32 seen ->
  ((a ∉ (fst <$> m_peers t)) \/ exists p, m_peers t !! i = Some (a, p)) ->
  tracker_ok (mkTracker (<[i := (a, port)]> (m_peers t)) (<[i := seen]> (m_lastSeen t))).
Proof.
  intros (Hl & Hs & Hn & Hp & Hu) Hi Hport Hseen Ha.
  unfold tracker_ok, tracker_size in *. cbn [m_peers m_lastSeen]. rewrite !length_insert.
  split_and!; [done|done| |by apply Forall_insert|by apply Forall_insert].
  rewrite list_fmap_insert. cbn [fst]. destruct Ha as [Ha|[p Hap]].
  - apply NoDup_alt. intros j k x Hj Hk. rewrite NoDup_alt in Hn.
    destruct (decide (i = j)) as [<-|Hij], (decide (i = k)) as [<-|Hik]; [done| | |].
    + rewrite list_lookup_insert_eq in Hj by (rewrite length_fmap; lia). injection Hj as <-.
      rewrite list_lookup_insert_ne in Hk by done. apply list_elem_of_lookup_2 in Hk. done.
    + rewrite list_lookup_insert_eq in Hk by (rewrite length_fmap; lia). injection Hk as <-.
      rewrite list_lookup_insert_ne in Hj by done. apply list_elem_of_lookup_2 in Hj. done.
    + rewrite list_lookup_insert_ne in Hj, Hk by done. by apply (Hn j k x).
  - rewrite list_insert_id; [done|]. by rewrite list_lookup_fmap, Hap.
Qed.

(** Announcing a peer always succeeds and keeps the table within 128
    peers with distinct addresses; a known address is refreshed in its place,
    a new one is appended, and in a full table it replaces a peer that nobody
    is older than.  A peer without port is ignored. *)
Theorem add_peer_effect now t addr port :
  tracker_ok t ->
  exists t', add_peer now t addr port = Ok t' /\ tracker_ok t' /\
    (if port =? 0 then t' = t else
     (exists i p, m_peers t !! i = Some (addr, p) /\
        t' = mkTracker (<[i := (addr, port)]> (m_peers t)) (<[i := u32 now]> (m_lastSeen t))) \/
     ((addr ∉ (fst <$> m_peers t)) /\ (tracker_size t < max_size)%nat /\
        t' = mkTracker (m_peers t ++ [(addr, port)]) (m_lastSeen t ++ [u32 now])) \/
     ((addr ∉ (fst <$> m_peers t)) /\ tracker_size t = max_size /\
        exists i s, m_lastSeen t !! i = Some s /\ Forall (fun s' => s <= s') (m_lastSeen t) /\
          t' = mkTracker (<[i := (addr, port)]> (m_peers t)) (<[i := u32 now]> (m_lastSeen t)))).
Proof.
  intros Hok. pose proof Hok as (Hl & Hs & Hn & Hp & Hu). unfold add_peer.
  destruct (Z.eqb_spec port 0) as [->|Hport]; [by exists t|].
  assert (Hnow : is_u32 (u32 now)) by apply u32_range.
  pose proof (find_peer_spec addr (m_lastSeen t) 0 (m_peers t) 0 (2 ^ 32 - 1) Hl) as Hf.
  destruct (find_peer 0 (m_peers t) (m_lastSeen t) addr 0 (2 ^ 32 - 1)) as [[i|i]|e|]; [| |done..]; res_simpl.
  - destruct Hf as (k & p & -> & Hk). rewrite Nat.add_0_l. eexists. split; [done|]. split.
    + apply insert_ok; [done| |done|done|by right; exists p]. by apply lookup_lt_Some in Hk.
    + left. by exists k, p.
  - destruct Hf as [Hni Hi]. destruct (Nat.ltb_spec (tracker_size t) max_size) as [Hlt|Hge].
    + eexists. split; [done|]. split; [|by right; left].
      unfold tracker_ok, tracker_size in *. cbn [m_peers m_lastSeen]. rewrite !length_app. simpl.
      split_and!; [lia|lia| |by apply Forall_app; split; [|constructor]|by apply Forall_app; split; [|constructor]].
      rewrite fmap_app. apply NoDup_app. split_and!; [done| |apply NoDup_singleton].
      intros x Hx ->%list_elem_of_singleton. done.
    + assert (Hfull : tracker_size t = max_size) by lia.
      assert (Hne : exists s, m_lastSeen t !! i = Some s /\ Forall (fun s' => s <= s') (m_lastSeen t)).
      { destruct Hi as [[-> Hall]|(k & s & -> & Hk & _ & Hall)]; [|by exists s].
        unfold tracker_size in Hfull. rewrite Hl in Hfull. destruct (m_lastSeen t) as [|s l]; [done|].
        exists s. split; [done|]. apply Forall_cons in Hu as [Hus _]. unfold is_u32 in Hus.
        eapply Forall_impl; [exact Hall|]. simpl. lia. }
      destruct Hne as (s & Hs' & Hmin).
      assert (Hin : (i < tracker_size t)%nat) by (unfold tracker_size; rewrite Hl; by apply lookup_lt_Some in Hs').
      rewrite (proj2 (Nat.ltb_lt _ _) Hin). res_simpl. eexists. split; [done|]. split.
      * apply insert_ok; [done|done|done|done|by left].
      * right; right. split_and!; [done|done|]. by exists i, s.
Qed.

Lemma sublist_Forall {A} (P : A -> Prop) l k : sublist l k -> Forall P k -> Forall P l.
Proof.
  induction 1 as [|x l k Hs IH|x l k Hs IH]; intros Hk; [done|..]; apply Forall_cons in Hk as [Hx Hk]; [|by apply IH].
  constructor; [done|by apply IH].
Qed.

(** The peers whose last announcement is recent enough. *)
Definition fresh (minSeen : Z) (t : DhtTracker) : list ((Z * Z) * Z) :=
  filter (fun e => ~ snd e < minSeen) (zip (m_peers t) (m_lastSeen t)).

Lemma clear_old_spec minSeen seen : forall peers, length peers = length seen ->
  Forall (fun p => snd p <> 0) peers ->
  exists r, clear_old minSeen peers seen = Ok r /\
    filter (fun p : Z * Z => snd p <> 0) r =
      fst <$> filter (fun e : (Z * Z) * Z => ~ snd e < minSeen) (zip peers seen) /\
    filter (fun s => ~ s < minSeen) seen =
      snd <$> filter (fun e : (Z * Z) * Z => ~ snd e < minSeen) (zip peers seen).
Proof.
  induction seen as [|t seen IH]; intros [|p peers] Hl Hp; try done.
  { by exists []. }
  apply Forall_cons in Hp as [Hp0 Hp]. destruct (IH peers ltac:(simpl in Hl; lia) Hp) as (r & Hr & H1 & H2).
  cbn [clear_old]. rewrite Hr. res_simpl. eexists. split; [done|]. cbn [zip zip_with].
  rewrite !filter_cons. cbn [fst snd]. destruct (Z.ltb_spec t minSeen).
  - rewrite (decide_False (P := snd (fst p, 0) <> 0)) by (simpl; lia).
    rewrite !(decide_False (P := ~ t < minSeen)) by lia. done.
  - rewrite (decide_True (P := snd p <> 0)) by done.
    rewrite !(decide_True (P := ~ t < minSeen)) by lia. rewrite !fmap_cons. simpl. split; by f_equal.
Qed.

Lemma prune_spec now t maxAge :
  tracker_ok t ->
  exists t', prune now t maxAge = Ok t' /\ tracker_ok t' /\
    m_peers t' = fst <$> fresh (u32 (now - maxAge)) t /\
    m_lastSeen t' = snd <$> fresh (u32 (now - maxAge)) t.
Proof.
  intros (Hl & Hs & Hn & Hp & Hu). unfold prune, fresh. set (minSeen := u32 (now - maxAge)).
  destruct (clear_old_spec minSeen (m_lastSeen t) (m_peers t) Hl Hp) as (r & -> & H1 & H2). res_simpl.
  rewrite H1, H2, !length_fmap, Nat.eqb_refl. res_simpl. eexists. split; [done|]. split; [|done].
  set (l := filter _ _). unfold tracker_ok, tracker_size in *. cbn [m_peers m_lastSeen].
  assert (Hsub : sublist (fst <$> l) (m_peers t)).
  { rewrite <- (fst_zip (m_peers t) (m_lastSeen t)) by lia. apply fmap_sublist, sublist_filter. }
  rewrite !length_fmap. split_and!; [done| | | |].
  - apply sublist_length in Hsub. rewrite length_fmap in Hsub. lia.
  - eapply sublist_NoDup; [exact Hn|]. by apply fmap_sublist.
  - eapply sublist_Forall; [exact Hsub|done].
  - assert (Hsub2 : sublist (snd <$> l) (m_lastSeen t)).
    { rewrite <- (snd_zip (m_peers t) (m_lastSeen t)) by lia. apply fmap_sublist, sublist_filter. }
    eapply sublist_Forall; [exact Hsub2|done].
Qed.

Lemma prune_ok now t maxAge : tracker_ok t -> exists t', prune now t maxAge = Ok t' /\ tracker_ok t'.
Proof. intros Ht. destruct (prune_spec now t maxAge Ht) as (t' & ? & ? & _). by exists t'. Qed.

(** Pruning never reports an inconsistency: it keeps exactly the peers
    seen since the limit, in order and with their times. *)
Theorem prune_keeps_fresh now t maxAge :
  tracker_ok t ->
  exists t', prune now t maxAge = Ok t' /\ tracker_ok t' /\
    m_peers t' = fst <$> fresh (u32 (now - maxAge)) t /\
    m_lastSeen t' = snd <$> fresh (u32 (now - maxAge)) t.
Proof. apply prune_spec. Qed.

(** A query for peers gets a block of consecutive peers, as many as it may
    have and never past the end of the table. *)
Theorem get_peers_in_table rand size maxPeers :
  (0 < maxPeers)%nat -> 0 <= rand ->
  exists first n, peers_range rand size maxPeers = Ok (first, n) /\
    n = (size `min` maxPeers)%nat /\ (first + n <= size)%nat.
Proof.
  intros Hm Hr. unfold peers_range. destruct (Nat.ltb_spec maxPeers size) as [Hlt|Hge].
  - rewrite (proj2 (Nat.eqb_neq maxPeers 0)) by lia. res_simpl. eexists _, _. split; [done|]. split; [lia|].
    set (blocks := Z.of_nat ((size + maxPeers - 1) / maxPeers)).
    assert (Hb : 2 <= blocks).
    { unfold blocks. rewrite Nat2Z.inj_div. apply Z.div_le_lower_bound; lia. }
    assert (Hmod : 0 <= rand mod blocks < blocks) by (apply Z.mod_pos_bound; lia).
    assert (Hq : rand mod blocks * Z.of_nat (size - maxPeers) / (blocks - 1) <= Z.of_nat (size - maxPeers)).
    { apply Z.div_le_upper_bound; [lia|]. nia. }
    assert (0 <= rand mod blocks * Z.of_nat (size - maxPeers) / (blocks - 1)) by (apply Z.div_pos; nia).
    lia.
  - eexists _, _. split; [done|]. lia.
Qed.

Definition full_tracker : DhtTracker :=
  mkTracker ((fun i => (i, 6881)) <$> zrange 1 128) (zrange 1000 128).

Lemma full_tracker_ok : tracker_ok full_tracker.
Proof.
  split; [reflexivity|]. split; [apply Nat.leb_le; reflexivity|]. split; [|split].
  - unfold full_tracker. cbn [m_peers]. rewrite <- list_fmap_compose. apply NoDup_fmap_2.
    + intros x y. simpl. done.
    + apply NoDup_fmap_2; [intros x y ?; lia|apply NoDup_seq].
  - unfold full_tracker. cbn [m_peers]. apply Forall_fmap, Forall_forall. done.
  - apply Forall_forall. intros x Hx%elem_of_zrange. unfold is_u32. lia.
Qed.

Lemma add_peer_effect_witness :
  exists t', add_peer 5000 full_tracker 9999 80 = Ok t' /\ tracker_ok t' /\
    m_peers t' !! 0%nat = Some (9999, 80).
Proof.
  destruct (add_peer_effect 5000 full_tracker 9999 80 full_tracker_ok) as (t' & H1 & H2 & _).
  exists t'. split_and!; [done|done|]. vm_compute in H1. by injection H1 as <-.
Defined.

Lemma prune_keeps_fresh_witness :
  exists t', prune 2900 full_tracker 1800 = Ok t' /\ tracker_size t' = 28%nat.
Proof.
  destruct (prune_keeps_fresh 2900 full_tracker 1800 full_tracker_ok) as (t' & H1 & _ & H2 & _).
  exists t'. split; [done|]. unfold tracker_size. rewrite H2. by vm_compute.
Defined.

Lemma get_peers_in_table_witness :
  exists first n, peers_range 12345 128 32 = Ok (first, n) /\ n = 32%nat /\ (first + n <= 128)%nat.
Proof. apply (get_peers_in_table 12345 128 32); lia. Defined.
End DhtTracker.
