(* ===== verification/DhtRouter.v ===== *)
(** * The routing table of the DHT (src/dht/dht_router.cc)

    The router knows the nodes of the DHT, each in the bucket of its
    identifier, and the buckets that cover all identifiers.  It is told of
    queries, replies and timeouts of nodes, splits its own bucket when that is
    full, keeps the peers announced for torrents and hands out the nodes
    closest to an identifier.  The DHT server and the resolver that it calls
    are not modelled: their calls are recorded. *)

From S2P Require Import Prelude Object Bencode ProtocolBase SocketAddress Dht.
Import SocketAddress AddressList HashString DhtNode DhtBucket.

Module DhtRouter.
Import DhtTracker.

(** Calls into the server, the resolver and the scheduler. *)
Inductive event :=
  | ev_ping (id : bytes) (sa : sockaddr)
  | ev_find_node (bucket : nat) (id : bytes)
  | ev_announce (bucket : nat) (info_hash : bytes)
  | ev_cancel_announce (info_hash : bytes)
  | ev_server_start (port : Z)
  | ev_server_stop
  | ev_server_update
  | ev_resolve (host : bytes) (port : Z)
  | ev_resolve_cancel
  | ev_wait (seconds : Z)
  | ev_wait_erase.

Inductive timeout_slot := slot_bootstrap | slot_update.

Record DhtRouter := mkRouter {
  m_self : DhtNode;                       (* the router is a node itself *)
  m_active : bool;                        (* m_server.is_active() *)
  m_nodes : NodeMap;
  m_buckets : BucketMap;
  m_next : nat;                           (* the name of the next bucket *)
  m_routingTable : list (bytes * nat);
  m_trackers : gmap bytes DhtTracker;
  m_contactId : bytes;
  m_contacts : option (list (bytes * Z));
  m_numRefresh : Z;
  m_curToken : Z;
  m_prevToken : Z;
  m_slot : timeout_slot;
  m_random : nat;                         (* how often random() was called *)
  m_trace : list event
}.

Definition size_token : nat := 8.
Definition timeout_bootstrap_retry : Z := 60.
Definition timeout_update : Z := 15 * 60.
Definition timeout_bucket_bootstrap : Z := 15 * 60.
Definition timeout_remove_node : Z := 4 * 60 * 60.
Definition timeout_peer_announce : Z := 30 * 60.
Definition num_bootstrap_complete : nat := 32.
Definition num_bootstrap_contacts : nat := 64.

Definition zero_id : bytes := new_zero.

(** Updates of single members. *)
Definition with_world (s : DhtRouter) (nodes : NodeMap) (buckets : BucketMap) : DhtRouter :=
  mkRouter (m_self s) (m_active s) nodes buckets (m_next s) (m_routingTable s) (m_trackers s)
    (m_contactId s) (m_contacts s) (m_numRefresh s) (m_curToken s) (m_prevToken s) (m_slot s)
    (m_random s) (m_trace s).
Definition with_self (s : DhtRouter) (n : DhtNode) : DhtRouter :=
  mkRouter n (m_active s) (m_nodes s) (m_buckets s) (m_next s) (m_routingTable s) (m_trackers s)
    (m_contactId s) (m_contacts s) (m_numRefresh s) (m_curToken s) (m_prevToken s) (m_slot s)
    (m_random s) (m_trace s).
Definition with_table (s : DhtRouter) (next : nat) (t : list (bytes * nat)) : DhtRouter :=
  mkRouter (m_self s) (m_active s) (m_nodes s) (m_buckets s) next t (m_trackers s)
    (m_contactId s) (m_contacts s) (m_numRefresh s) (m_curToken s) (m_prevToken s) (m_slot s)
    (m_random s) (m_trace s).
Definition with_trackers (s : DhtRouter) (t : gmap bytes DhtTracker) : DhtRouter :=
  mkRouter (m_self s) (m_active s) (m_nodes s) (m_buckets s) (m_next s) (m_routingTable s) t
    (m_contactId s) (m_contacts s) (m_numRefresh s) (m_curToken s) (m_prevToken s) (m_slot s)
    (m_random s) (m_trace s).
Definition with_contact_id (s : DhtRouter) (id : bytes) (random : nat) : DhtRouter :=
  mkRouter (m_self s) (m_active s) (m_nodes s) (m_buckets s) (m_next s) (m_routingTable s) (m_trackers s)
    id (m_contacts s) (m_numRefresh s) (m_curToken s) (m_prevToken s) (m_slot s)
    random (m_trace s).
Definition with_contacts (s : DhtRouter) (c : option (list (bytes * Z))) : DhtRouter :=
  mkRouter (m_self s) (m_active s) (m_nodes s) (m_buckets s) (m_next s) (m_routingTable s) (m_trackers s)
    (m_contactId s) c (m_numRefresh s) (m_curToken s) (m_prevToken s) (m_slot s)
    (m_random s) (m_trace s).
Definition with_refresh (s : DhtRouter) (n : Z) : DhtRouter :=
  mkRouter (m_self s) (m_active s) (m_nodes s) (m_buckets s) (m_next s) (m_routingTable s) (m_trackers s)
    (m_contactId s) (m_contacts s) n (m_curToken s) (m_prevToken s) (m_slot s)
    (m_random s) (m_trace s).
Definition with_tokens (s : DhtRouter) (cur prev : Z) (random : nat) : DhtRouter :=
  mkRouter (m_self s) (m_active s) (m_nodes s) (m_buckets s) (m_next s) (m_routingTable s) (m_trackers s)
    (m_contactId s) (m_contacts s) (m_numRefresh s) cur prev (m_slot s)
    random (m_trace s).
Definition with_slot (s : DhtRouter) (slot : timeout_slot) : DhtRouter :=
  mkRouter (m_self s) (m_active s) (m_nodes s) (m_buckets s) (m_next s) (m_routingTable s) (m_trackers s)
    (m_contactId s) (m_contacts s) (m_numRefresh s) (m_curToken s) (m_prevToken s) slot
    (m_random s) (m_trace s).
Definition with_active (s : DhtRouter) (a : bool) : DhtRouter :=
  mkRouter (m_self s) a (m_nodes s) (m_buckets s) (m_next s) (m_routingTable s) (m_trackers s)
    (m_contactId s) (m_contacts s) (m_numRefresh s) (m_curToken s) (m_prevToken s) (m_slot s)
    (m_random s) (m_trace s).
Definition emit (s : DhtRouter) (e : event) : DhtRouter :=
  mkRouter (m_self s) (m_active s) (m_nodes s) (m_buckets s) (m_next s) (m_routingTable s) (m_trackers s)
    (m_contactId s) (m_contacts s) (m_numRefresh s) (m_curToken s) (m_prevToken s) (m_slot s)
    (m_random s) (m_trace s ++ [e]).

Definition router_id (s : DhtRouter) : bytes := n_id (m_self s).
(** [bucket()] of the router. *)
Definition own_bucket (s : DhtRouter) : option nat := DhtNode.m_bucket (m_self s).

Definition set_bucket_at (s : DhtRouter) (h : nat) (b : DhtBucket) : DhtRouter :=
  with_world s (m_nodes s) (<[h := b]> (m_buckets s)).
Definition set_node_at (s : DhtRouter) (id : bytes) (n : DhtNode) : DhtRouter :=
  with_world s (<[id := n]> (m_nodes s)) (m_buckets s).

(** ** Nodes and buckets *)

(** A pointer to a node: the router itself or a node of the map. *)
Inductive node_ptr := ptr_self | ptr_node (id : bytes).

Definition node_at (s : DhtRouter) (p : node_ptr) : res DhtNode :=
  match p with
  | ptr_self => Ok (m_self s)
  | ptr_node id => of_deref (m_nodes s !! id)
  end.
Definition store_node (s : DhtRouter) (p : node_ptr) (n : DhtNode) : DhtRouter :=
  match p with
  | ptr_self => with_self s n
  | ptr_node id => set_node_at s id n
  end.

(** A change of the bucket a node is in. *)
Definition change_bucket (s : DhtRouter) (b : option nat) (f : DhtBucket -> DhtBucket) : res DhtRouter :=
  match b with
  | None => UB
  | Some h => b ← of_deref (m_buckets s !! h); Ok (set_bucket_at s h (f b))
  end.

(** [DhtNode::set_good], [set_bad], [queried], [replied] and [inactive]; they
    tell the bucket of the node. *)
Definition set_good (now : Z) (s : DhtRouter) (p : node_ptr) : res DhtRouter :=
  n ← node_at s p;
  s ← match DhtNode.m_bucket n with
      | Some h => if negb (is_good n) then change_bucket s (Some h) (node_now_good (is_bad n)) else Ok s
      | None => Ok s
      end;
  Ok (store_node s p (mkNode (n_id n) (m_socket_address n) (u32 now) true 0 (DhtNode.m_bucket n))).

Definition set_bad (s : DhtRouter) (p : node_ptr) : res DhtRouter :=
  n ← node_at s p;
  s ← match DhtNode.m_bucket n with
      | Some h => if negb (is_bad n) then change_bucket s (Some h) (node_now_bad (is_good n)) else Ok s
      | None => Ok s
      end;
  Ok (store_node s p
    (mkNode (n_id n) (m_socket_address n) (m_last_seen n) false max_failed_replies (DhtNode.m_bucket n))).

Definition replied (now : Z) (s : DhtRouter) (p : node_ptr) : res DhtRouter := set_good now s p.

Definition queried (now : Z) (s : DhtRouter) (p : node_ptr) : res DhtRouter :=
  n ← node_at s p; if negb (m_last_seen n =? 0) then set_good now s p else Ok s.

Definition inactive (s : DhtRouter) (p : node_ptr) : res DhtRouter :=
  n ← node_at s p;
  if u32 (m_recently_inactive n + 1) =? max_failed_replies then set_bad s p
  else Ok (store_node s p (mkNode (n_id n) (m_socket_address n) (m_last_seen n) (m_recently_active n)
             (u32 (m_recently_inactive n + 1)) (DhtNode.m_bucket n))).

(** [m_routingTable.lower_bound(id)]: the first bucket that does not end
    before [id]. *)
Fixpoint lower_bound (t : list (bytes * nat)) (id : bytes) : option (bytes * nat) :=
  match t with
  | [] => None
  | (k, h) :: t => if hash_lt k id then lower_bound t id else Some (k, h)
  end.

(** [find_bucket(id)->second] *)
Definition find_bucket (s : DhtRouter) (id : bytes) : res nat :=
  e ← of_deref (lower_bound (m_routingTable s) id); Ok (snd e).

(** [m_routingTable.emplace]: nothing when the key exists. *)
Fixpoint table_emplace (t : list (bytes * nat)) (k : bytes) (h : nat) : list (bytes * nat) :=
  match t with
  | [] => [(k, h)]
  | (k', h') :: t' =>
      if hash_lt k k' then (k, h) :: t
      else if hash_lt k' k then (k', h') :: table_emplace t' k h
      else t
  end.

Definition get_node (s : DhtRouter) (id : bytes) : option node_ptr :=
  match m_nodes s !! id with
  | Some _ => Some (ptr_node id)
  | None => if hash_eq id (router_id s) then Some ptr_self else None
  end.

Definition want_node (s : DhtRouter) (id : bytes) : res bool :=
  if hash_eq id (router_id s) || hash_eq id zero_id then Ok false else
  h ← find_bucket s id;
  if bool_decide (Some h = own_bucket s) then Ok true else
  b ← of_deref (m_buckets s !! h); Ok (has_space b).

(** [delete_node(m_nodes.find(id))] *)
Definition delete_node (s : DhtRouter) (id : bytes) : res DhtRouter :=
  match m_nodes s !! id with
  | None => Throw internal_error
  | Some n =>
      buckets ← match DhtNode.m_bucket n with
        | None => Ok (m_buckets s)
        | Some h =>
            b ← of_deref (m_buckets s !! h);
            b ← remove_node (m_nodes s) b id;
            Ok (<[h := b]> (m_buckets s))
        end;
      Ok (with_world s (delete id (m_nodes s)) buckets)
  end.

(** ** Searches that fill buckets

    [random n] is the [n]th value of [random()]. *)
Section environment.
Context `{ByteOrder}.
Variable random : nat -> Z.

Definition flip_last (id : bytes) : bytes :=
  <[(size_data - 1)%nat := Z.lxor (hash_at id (size_data - 1)) 1]> id.

Definition bootstrap_bucket (s : DhtRouter) (h : nat) : res DhtRouter :=
  if negb (m_active s) then Ok s else
  s ← (if bool_decide (Some h = own_bucket s) then
         Ok (with_contact_id s (flip_last (router_id s)) (m_random s))
       else
         b ← of_deref (m_buckets s !! h);
         Ok (with_contact_id s (get_random_id (fun i => random (m_random s + i)%nat) b)
               (m_random s + size_data)));
  Ok (emit s (ev_find_node h (m_contactId s))).

Definition bucket_empty (s : DhtRouter) (h : nat) : res bool :=
  b ← of_deref (m_buckets s !! h);
  Ok (match b_nodes b with [] => true | _ => false end).

(** [split_bucket]; the result is the bucket for the node [id]. *)
Definition split_bucket (now : Z) (s : DhtRouter) (h : nat) (id : bytes) : res (DhtRouter * nat) :=
  let o := m_next s in
  '(nodes, buckets) ← split now (m_nodes s) (m_buckets s) h o (router_id s);
  let s := with_world s nodes buckets in
  own ← of_deref (own_bucket s);
  own_b ← of_deref (m_buckets s !! own);
  let s := match m_child own_b with
           | Some c => with_self s (DhtNode.set_bucket (m_self s) (Some c))
           | None => s
           end in
  own ← of_deref (own_bucket s);
  own_b ← of_deref (m_buckets s !! own);
  _ ← throw_when (negb (is_in_range own_b (router_id s))) internal_error;
  other ← of_deref (m_buckets s !! o);
  let s := with_table s (S o) (table_emplace (m_routingTable s) (m_end other) o) in
  if is_in_range other id then
    e ← bucket_empty s h;
    s ← (if e : bool then bootstrap_bucket s h else Ok s);
    Ok (s, o)
  else
    e ← bucket_empty s o;
    s ← (if e : bool then bootstrap_bucket s o else Ok s);
    Ok (s, h).

(** The loop of [add_node_to_bucket]: the bucket to add to, or none when the
    node was discarded.  Every turn but the last deletes a node or halves a
    bucket. *)
Fixpoint make_room (fuel : nat) (now : Z) (s : DhtRouter) (h : nat) (id : bytes)
    : res (DhtRouter * option nat) :=
  match fuel with
  | O => UB
  | S fuel =>
      b ← of_deref (m_buckets s !! h);
      if is_full b then
        c ← find_replacement_candidate (m_nodes s) b false;
        match c with
        | None => Throw internal_error
        | Some c =>
            n ← of_deref (m_nodes s !! c);
            if is_bad n then
              s ← delete_node s c; make_room fuel now s h id
            else if negb (bool_decide (Some h = own_bucket s)) then
              s ← delete_node s id; Ok (s, None)
            else
              '(s, h) ← split_bucket now s h id; make_room fuel now s h id
        end
      else Ok (s, Some h)
  end.

(** A table splits at most 160 times. *)
Definition split_fuel : nat := 162.

Definition add_node_to_bucket (now : Z) (s : DhtRouter) (id : bytes) : res (DhtRouter * bool) :=
  h ← find_bucket s id;
  '(s, r) ← make_room split_fuel now s h id;
  match r with
  | None => Ok (s, false)
  | Some h =>
      b ← of_deref (m_buckets s !! h);
      b ← DhtBucket.add_node now (m_nodes s) b id;
      let s := set_bucket_at s h b in
      n ← of_deref (m_nodes s !! id);
      Ok (set_node_at s id (DhtNode.set_bucket n (Some h)), true)
  end.

(** ** Events from the server *)

Definition ping (s : DhtRouter) (id : bytes) (sa : sockaddr) : DhtRouter := emit s (ev_ping id sa).

(** [node->bucket()->touch()] *)
Definition touch_bucket (now : Z) (s : DhtRouter) (p : node_ptr) : res DhtRouter :=
  n ← node_at s p; change_bucket s (DhtNode.m_bucket n) (touch now).

Definition node_queried (now : Z) (s : DhtRouter) (id : bytes) (sa : sockaddr)
    : res (DhtRouter * option node_ptr) :=
  match get_node s id with
  | None =>
      w ← want_node s id;
      Ok (if w : bool then ping s id sa else s, None)
  | Some p =>
      n ← node_at s p;
      e ← sa_equal_addr (m_socket_address n) sa;
      if negb e then Ok (s, None) else
      s ← queried now s p;
      n ← node_at s p;
      s ← (if is_good n then touch_bucket now s p else Ok s);
      Ok (s, Some p)
  end.

(** The end of [node_replied], once the node is known. *)
Definition reply_known (now : Z) (s : DhtRouter) (p : node_ptr) (sa : sockaddr)
    : res (DhtRouter * option node_ptr) :=
  n ← node_at s p;
  e ← sa_equal_addr (m_socket_address n) sa;
  if negb e then Ok (s, None) else
  s ← replied now s p;
  s ← touch_bucket now s p;
  Ok (s, Some p).

Definition node_replied (now : Z) (s : DhtRouter) (id : bytes) (sa : sockaddr)
    : res (DhtRouter * option node_ptr) :=
  match get_node s id with
  | Some p => reply_known now s p sa
  | None =>
      w ← want_node s id;
      if negb w then Ok (s, None) else
      n ← new_node id sa;
      '(s, added) ← add_node_to_bucket now (set_node_at s id n) id;
      if negb added then Ok (s, None) else reply_known now s (ptr_node id) sa
  end.

Definition node_inactive (now : Z) (s : DhtRouter) (id : bytes) (sa : sockaddr)
    : res (DhtRouter * option node_ptr) :=
  match m_nodes s !! id with
  | None => Ok (s, None)
  | Some n =>
      e ← sa_equal_addr (m_socket_address n) sa;
      if negb e then Ok (s, None) else
      s ← inactive s (ptr_node id);
      n ← node_at s (ptr_node id);
      if is_bad n && (timeout_remove_node <=? node_age now n) then
        s ← delete_node s id; Ok (s, None)
      else Ok (s, Some (ptr_node id))
  end.

Definition node_invalid (s : DhtRouter) (id : bytes) : res DhtRouter :=
  match get_node s id with
  | None | Some ptr_self => Ok s
  | Some (ptr_node id) => delete_node s id
  end.

Definition get_closest_nodes (s : DhtRouter) (id : bytes) : res (bytes * DhtRouter) :=
  h ← find_bucket s id;
  '(answer, buckets) ← full_bucket (m_nodes s) (m_buckets s) h;
  Ok (answer, with_world s (m_nodes s) buckets).

(** ** Torrents, contacts and tokens *)

Definition announce (s : DhtRouter) (info_hash : bytes) : res DhtRouter :=
  h ← find_bucket s info_hash; Ok (emit s (ev_announce h info_hash)).
Definition cancel_announce (s : DhtRouter) (info_hash : bytes) : DhtRouter :=
  emit s (ev_cancel_announce info_hash).

(** The tracker of a torrent, if there is one or one was to be created. *)
Definition get_tracker (s : DhtRouter) (hash : bytes) (create : bool) : DhtRouter * option DhtTracker :=
  match m_trackers s !! hash with
  | Some t => (s, Some t)
  | None =>
      if create then (with_trackers s (<[hash := new_tracker]> (m_trackers s)), Some new_tracker)
      else (s, None)
  end.

Definition add_bootstrap_contact (s : DhtRouter) (host : bytes) (port : Z) : DhtRouter :=
  match m_contacts s with
  | None => s
  | Some c =>
      let c := if (num_bootstrap_contacts <=? length c)%nat then tail c else c in
      with_contacts s (Some (c ++ [(host, port)]))
  end.

Definition contact (s : DhtRouter) (sa : option sockaddr) (port : Z) : res DhtRouter :=
  if negb (m_active s) then Ok s else
  sa_tmp ← sa_copy_unmapped sa;
  _ ← throw_when (negb (sa_is_inet_inet6 (Some sa_tmp))) input_error;
  if negb (sa_is_inet (Some sa_tmp)) then Ok s else
  if sa_is_any sa_tmp then Ok s else
  sa_tmp ← sa_set_port sa_tmp (u16 port);
  Ok (ping s zero_id sa_tmp).

(** The order in which an unordered map is walked is that of [map_to_list]. *)
Fixpoint find_node_loop (l : list (bytes * DhtNode)) (sa : sockaddr) : res (option bytes) :=
  match l with
  | [] => Ok None
  | (id, n) :: l =>
      e ← sa_equal_addr (m_socket_address n) sa;
      if e : bool then Ok (Some id) else find_node_loop l sa
  end.
Definition find_node (s : DhtRouter) (sa : sockaddr) : res (option bytes) :=
  find_node_loop (map_to_list (m_nodes s)) sa.

Section token.
Variable sha1 : bytes -> bytes.

Definition generate_token (sa : option sockaddr) (token : Z) : res bytes :=
  match sa with
  | Some (AF_INET sin) => Ok (sha1 (store_int 4 token ++ store_int 4 (sin_addr sin)))
  | _ => Throw internal_error
  end.

Definition make_token (s : DhtRouter) (sa : option sockaddr) : res bytes :=
  t ← generate_token sa (m_curToken s); Ok (take size_token t).

Definition token_valid (s : DhtRouter) (token : bytes) (sa : option sockaddr) : res bool :=
  if negb (length token =? size_token)%nat then Ok false else
  cur ← generate_token sa (m_curToken s);
  if bool_decide (token = take size_token cur) then Ok true else
  prev ← generate_token sa (m_prevToken s);
  Ok (bool_decide (token = take size_token prev)).
End token.

(** ** Timeouts *)

(** At most [n] contacts from the back of the list. *)
Fixpoint resolve_contacts (n : nat) (s : DhtRouter) (c : list (bytes * Z)) : DhtRouter * list (bytes * Z) :=
  match n with
  | O => (s, c)
  | S n =>
      match last c with
      | None => (s, c)
      | Some (host, port) => resolve_contacts n (emit s (ev_resolve host port)) (removelast c)
      end
  end.

Fixpoint ping_questionable (s : DhtRouter) (l : list bytes) : res DhtRouter :=
  match l with
  | [] => Ok s
  | id :: l =>
      n ← of_deref (m_nodes s !! id);
      ping_questionable (if negb (is_good n) then ping s (n_id n) (m_socket_address n) else s) l
  end.

Definition bootstrap (s : DhtRouter) : res DhtRouter :=
  match m_contacts s with
  | None => Ok s
  | Some c =>
      let '(s, c) := resolve_contacts 8 s c in
      let s := with_contacts s (Some c) in
      if decide (m_nodes s = ∅) then Ok s else
      own ← of_deref (own_bucket s);
      s ← bootstrap_bucket s own;
      b ← of_deref (m_buckets s !! own);
      s ← ping_questionable s (b_nodes b);
      if (length (m_routingTable s) <? 2)%nat then Ok s else
      let r := random (m_random s) in
      let s := with_contact_id s (m_contactId s) (S (m_random s)) in
      e ← of_deref (m_routingTable s !! Z.to_nat (r mod zlen (m_routingTable s)));
      if bool_decide (Some (snd e) = own_bucket s) then Ok s else bootstrap_bucket s (snd e)
  end.

Fixpoint update_nodes (now : Z) (s : DhtRouter) (l : list bytes) : res DhtRouter :=
  match l with
  | [] => Ok s
  | id :: l =>
      n ← of_deref (m_nodes s !! id);
      _ ← throw_when (match DhtNode.m_bucket n with None => true | Some _ => false end) internal_error;
      let n := DhtNode.update now n in
      let s := set_node_at s id n in
      update_nodes now
        (if is_questionable n && (negb (is_bad n) || (timeout_remove_node <=? node_age now n))
         then ping s (n_id n) (m_socket_address n) else s) l
  end.

Fixpoint update_buckets (now : Z) (s : DhtRouter) (t : list (bytes * nat)) : res DhtRouter :=
  match t with
  | [] => Ok s
  | (_, h) :: t =>
      b ← of_deref (m_buckets s !! h);
      b ← bucket_update (m_nodes s) b;
      let s := set_bucket_at s h b in
      s ← (if negb (is_full b) || bool_decide (Some h = own_bucket s) ||
              (timeout_bucket_bootstrap <? bucket_age now b)
           then bootstrap_bucket s h else Ok s);
      update_buckets now s t
  end.

Fixpoint prune_trackers (now : Z) (l : list (bytes * DhtTracker)) : res (gmap bytes DhtTracker) :=
  match l with
  | [] => Ok ∅
  | (hash, t) :: l =>
      t ← prune now t timeout_peer_announce;
      r ← prune_trackers now l;
      Ok (if tracker_empty t then r else <[hash := t]> r)
  end.

Definition receive_timeout (now : Z) (s : DhtRouter) : res DhtRouter :=
  let s := emit s (ev_wait timeout_update) in
  let s := with_tokens s (s32 (random (m_random s))) (m_curToken s) (S (m_random s)) in
  s ← update_nodes now s (map_to_list (m_nodes s)).*1;
  s ← update_buckets now s (m_routingTable s);
  trackers ← prune_trackers now (map_to_list (m_trackers s));
  let s := emit (with_trackers s trackers) ev_server_update in
  _ ← ub_when (m_numRefresh s =? 2 ^ 31 - 1);
  Ok (with_refresh s (m_numRefresh s + 1)).

Definition receive_timeout_bootstrap (now : Z) (s : DhtRouter) : res DhtRouter :=
  if (base.size (m_nodes s) <? num_bootstrap_complete)%nat then
    match m_contacts s with
    | None => Throw internal_error
    | Some c =>
        s ← (if negb (bool_decide (m_nodes s = ∅)) || negb (bool_decide (c = [])) then bootstrap s else Ok s);
        Ok (with_refresh (emit s (ev_wait timeout_bootstrap_retry)) 1)
    end
  else
    let s := with_slot (with_contacts s None) slot_update in
    s ← (if m_numRefresh s =? 0 then receive_timeout now s
         else Ok (emit s (ev_wait timeout_update)));
    Ok (with_refresh s 2).

Definition start (s : DhtRouter) (port : Z) : DhtRouter :=
  emit (with_slot (with_active (emit s (ev_server_start port)) true) slot_bootstrap) (ev_wait 1).

Definition stop (s : DhtRouter) : DhtRouter :=
  if negb (m_active s) then s
  else with_active (emit (emit (emit s ev_resolve_cancel) ev_wait_erase) ev_server_stop) false.

(** ** The cache of nodes *)

Definition key_self_id : bytes := [115; 101; 108; 102; 95; 105; 100].
Definition key_nodes : bytes := [110; 111; 100; 101; 115].
Definition key_contacts : bytes := [99; 111; 110; 116; 97; 99; 116; 115].

Fixpoint store_nodes (l : list (bytes * DhtNode)) (nodes : Object.Object) : res Object.Object :=
  match l with
  | [] => Ok nodes
  | (id, n) :: l =>
      nodes ← (if is_bad n then Ok nodes
               else c ← DhtNode.store_cache n Object.create_map; Object.insert_key nodes id c);
      store_nodes l nodes
  end.

Definition store_contacts (c : list (bytes * Z)) : Object.Object :=
  Object.TYPE_LIST 0 ((fun e => Object.TYPE_LIST 0 [Object.TYPE_STRING 0 (fst e); Object.TYPE_VALUE 0 (snd e)]) <$> c).

(** The sub-objects are filled before they are inserted. *)
Definition store_cache (s : DhtRouter) (container : Object.Object) : res Object.Object :=
  c ← Object.insert_key container key_self_id (Object.TYPE_STRING 0 (router_id s));
  nodes ← store_nodes (map_to_list (m_nodes s)) Object.create_map;
  c ← Object.insert_key c key_nodes nodes;
  match m_contacts s with
  | None => Ok c
  | Some l => Object.insert_key c key_contacts (store_contacts l)
  end.

Section construction.
Variable sha1 : bytes -> bytes.

(** The identifier of the cache, or the hash of twenty random [long]s. *)
Definition choose_id (cache : Object.Object) (rand : nat) : res (bytes * nat) :=
  k ← Object.has_key cache key_self_id;
  if k : bool then
    id ← (o ← Object.get_key cache key_self_id; Object.as_string o);
    _ ← throw_when (negb (length id =? size_data)%nat) bencode_error;
    Ok (id, rand)
  else
    Ok (sha1 (concat ((fun i => store_int 8 (random (rand + i))) <$> seq 0 size_data)), (rand + size_data)%nat).

Fixpoint load_nodes (now : Z) (s : DhtRouter) (l : list (bytes * Object.Object)) : res DhtRouter :=
  match l with
  | [] => Ok s
  | (id, o) :: l =>
      _ ← throw_when (negb (length id =? size_data)%nat) bencode_error;
      n ← new_cached_node now id o;
      '(s, _) ← add_node_to_bucket now (set_node_at s id n) id;
      load_nodes now s l
  end.

Definition load_contact (o : Object.Object) : res (bytes * Z) :=
  l ← Object.as_list o;
  h ← of_deref (l !! 0%nat);
  host ← Object.as_string h;
  p ← of_deref (l !! 1%nat);
  port ← Object.as_value p;
  Ok (host, s32 port).

Fixpoint load_contacts (l : list Object.Object) : res (list (bytes * Z)) :=
  match l with
  | [] => Ok []
  | o :: l => c ← load_contact o; r ← load_contacts l; Ok (c :: r)
  end.

(** The table before any node is loaded. *)
Definition empty_router (now : Z) (id : bytes) (cur prev : Z) (rand : nat) : DhtRouter :=
  let self := mkNode id sa_make_inet_any 0 false 0 (Some O) in
  mkRouter self false ∅ {[ O := new_bucket now zero_id (hash_clear 255) ]} 1
    [(hash_clear 255, O)] ∅ zero_id None 0 cur prev slot_bootstrap rand [].

Definition new_router (now : Z) (cache : Object.Object) : res DhtRouter :=
  '(id, rand) ← choose_id cache 2;
  let s := empty_router now id (s32 (random 0)) (s32 (random 1)) rand in
  k ← Object.has_key cache key_nodes;
  s ← (if k : bool then
         nodes ← (o ← Object.get_key cache key_nodes; Object.as_map o);
         load_nodes now s nodes
       else Ok s);
  if (base.size (m_nodes s) <? num_bootstrap_complete)%nat then
    k ← Object.has_key cache key_contacts;
    c ← (if k : bool then
           l ← (o ← Object.get_key cache key_contacts; Object.as_list o); load_contacts l
         else Ok []);
    Ok (with_contacts s (Some c))
  else Ok s.
End construction.

(** ** Statistics *)

Record statistics_type := mkStatistics {
  cycle : Z; num_nodes : nat; num_buckets : nat;
  num_peers : Z; stat_max_peers : Z; num_trackers : nat
}.

Definition get_statistics (s : DhtRouter) : statistics_type :=
  let peers := (fun e => Z.of_nat (tracker_size (snd e))) <$> map_to_list (m_trackers s) in
  mkStatistics
    (if negb (m_active s) then 0 else if m_numRefresh s <? 2 then 1 else m_numRefresh s)
    (base.size (m_nodes s)) (length (m_routingTable s))
    (u32 (foldl Z.add 0 peers)) (foldl Z.max 0 peers) (base.size (m_trackers s)).
End environment.

(** ** The invariant *)

(** From identifier [first] on, the table lists consecutive aligned blocks up
    to the last identifier. *)
Fixpoint covers (buckets : BucketMap) (first : Z) (t : list (bytes * nat)) : Prop :=
  match t with
  | [] => first = 2 ^ 160
  | (k, h) :: t =>
      exists b w, buckets !! h = Some b /\ m_end b = k /\ num (m_begin b) = first /\
        is_hash (m_begin b) /\ is_hash k /\ block w (m_begin b) k /\ covers buckets (num k + 1) t
  end.

(** The buckets form a chain that ends in the router's own. *)
Record chain_ok (s : DhtRouter) (chain : list nat) : Prop := {
  chain_perm : (m_routingTable s).*2 ≡ₚ chain;
  chain_nodup : NoDup chain;
  chain_linked : linked (m_buckets s) chain;
  chain_dom : forall h, is_Some (m_buckets s !! h) <-> h ∈ chain;
  chain_next_free : forall h, h ∈ chain -> (h < m_next s)%nat;
  chain_last : last chain = own_bucket s
}.

(** A node as the map holds it; the node that is being added has no bucket. *)
Record node_ok (s : DhtRouter) (pending : option bytes) (id : bytes) (n : DhtNode) : Prop := {
  node_id : n_id n = id;
  node_hash : is_hash id;
  node_addr : exists sin, m_socket_address n = AF_INET sin;
  node_seen : 0 <= m_last_seen n < 2 ^ 32 - 1;
  node_place : match DhtNode.m_bucket n with
               | None => pending = Some id
               | Some h => pending <> Some id /\
                   exists b, m_buckets s !! h = Some b /\ id ∈ b_nodes b
               end
}.

Record bucket_ok (s : DhtRouter) (h : nat) (b : DhtBucket) : Prop := {
  bucket_nodup : NoDup (b_nodes b);
  bucket_size : (length (b_nodes b) <= 8)%nat;
  bucket_nodes : forall id, id ∈ b_nodes b ->
    is_in_range b id = true /\ exists n, m_nodes s !! id = Some n /\ DhtNode.m_bucket n = Some h;
  bucket_cache : (m_fullCacheLength b <= 208)%nat
}.

Record router_ok (s : DhtRouter) (pending : option bytes) : Prop := {
  ok_id : is_hash (router_id s);
  ok_self : exists sin, m_socket_address (m_self s) = AF_INET sin;
  ok_covers : covers (m_buckets s) 0 (m_routingTable s);
  ok_chain : exists chain, chain_ok s chain;
  ok_nodes : forall id n, m_nodes s !! id = Some n -> node_ok s pending id n;
  ok_buckets : forall h b, m_buckets s !! h = Some b -> bucket_ok s h b;
  ok_own : exists own b, own_bucket s = Some own /\ m_buckets s !! own = Some b /\
             is_in_range b (router_id s) = true;
  ok_trackers : forall hash t, m_trackers s !! hash = Some t -> tracker_ok t
}.

(** *** Look-ups in the table *)

Lemma in_range_num b id : is_hash (m_begin b) -> is_hash (m_end b) -> is_hash id ->
  is_in_range b id = true <-> num (m_begin b) <= num id <= num (m_end b).
Proof.
  intros Hb He Hi. unfold is_in_range. rewrite !hash_le_num by done.
  rewrite andb_true_iff, !Z.leb_le. done.
Qed.

Lemma covers_ext B B' t : forall first,
  (forall k h, (k, h) ∈ t -> B' !! h = B !! h) -> covers B first t -> covers B' first t.
Proof.
  induction t as [|[k h] t IH]; intros first He Hc; [done|].
  destruct Hc as (b & w & Hb & Hr & Hf & Hh1 & Hh2 & Hw & Hc).
  exists b, w. split_and!; try done.
  - by rewrite (He k h ltac:(left)).
  - apply IH; [|done]. intros k' h' Hin. apply (He k'). by right.
Qed.

(** What the table says of one of its buckets. *)
Lemma covers_entry B t : forall first k h, covers B first t -> (k, h) ∈ t ->
  exists b w, B !! h = Some b /\ m_end b = k /\ is_hash (m_begin b) /\ is_hash k /\
    block w (m_begin b) k /\ first <= num (m_begin b) /\ num k < 2 ^ 160.
Proof.
  induction t as [|[k' h'] t IH]; intros first k h Hc Hin; [by apply not_elem_of_nil in Hin|].
  destruct Hc as (b & w & Hb & Hr & Hf & Hh1 & Hh2 & Hw & Hc).
  apply elem_of_cons in Hin as [[= -> ->]|Hin].
  - exists b, w. split_and!; try done; [lia|]. by apply num_range.
  - destruct (IH _ _ _ Hc Hin) as (b' & w' & ? & ? & ? & ? & ? & ? & ?).
    exists b', w'. split_and!; try done. destruct Hw as (_ & _ & _ & Hk & _ & He).
    assert (0 < 2 ^ w) by (apply Z.pow_pos_nonneg; lia). lia.
Qed.

Lemma lower_bound_spec B t : forall first id, covers B first t -> is_hash id -> first <= num id ->
  exists k h b, lower_bound t id = Some (k, h) /\ (k, h) ∈ t /\ B !! h = Some b /\
    is_in_range b id = true.
Proof.
  induction t as [|[k h] t IH]; intros first id Hc Hi Hf; simpl in Hc.
  { pose proof (num_range id Hi). lia. }
  destruct Hc as (b & w & Hb & Hr & Hn & Hh1 & Hh2 & Hw & Hc). cbn [lower_bound].
  rewrite hash_lt_num by done. destruct (Z.ltb_spec (num k) (num id)) as [Hlt|Hge].
  - destruct (IH (num k + 1) id Hc Hi ltac:(lia)) as (k' & h' & b' & ? & ? & ? & ?).
    exists k', h', b'. split_and!; try done. by right.
  - exists k, h, b. split_and!; [done|left|done|]. subst k. apply in_range_num; [done..|]. lia.
Qed.

(** Two buckets of the table that hold the same identifier are one. *)
Lemma covers_unique B t : forall first k1 h1 b1 k2 h2 b2 id, covers B first t -> is_hash id ->
  (k1, h1) ∈ t -> (k2, h2) ∈ t -> B !! h1 = Some b1 -> B !! h2 = Some b2 ->
  is_in_range b1 id = true -> is_in_range b2 id = true -> h1 = h2.
Proof.
  induction t as [|[k h] t IH]; intros first k1 h1 b1 k2 h2 b2 id Hc Hi H1 H2 Hb1 Hb2 Hr1 Hr2;
    [by apply not_elem_of_nil in H1|].
  destruct Hc as (b & w & Hb & Hk & Hn & Hh1 & Hh2 & Hw & Hc). subst k.
  assert (Hlater : forall k' h' b', (k', h') ∈ t -> B !! h' = Some b' -> is_in_range b' id = true ->
    is_in_range b id = true -> False).
  { intros k' h' b' Hin Hb' Hr' Hr. destruct (covers_entry B t _ _ _ Hc Hin) as (b'' & w' & Hb'' & He & Hx & Hy & _ & Hz & _).
    rewrite Hb' in Hb''. injection Hb'' as <-. subst k'.
    apply in_range_num in Hr', Hr; [|done..]. lia. }
  apply elem_of_cons in H1 as [[= -> ->]|H1], H2 as [[= -> ->]|H2].
  - done.
  - rewrite Hb in Hb1. injection Hb1 as <-. by destruct (Hlater k2 h2 b2).
  - rewrite Hb in Hb2. injection Hb2 as <-. by destruct (Hlater k1 h1 b1).
  - by apply (IH (num (m_end b) + 1) k1 h1 b1 k2 h2 b2 id).
Qed.

Lemma find_bucket_ok s p id : router_ok s p -> is_hash id ->
  exists h b k, find_bucket s id = Ok h /\ (k, h) ∈ m_routingTable s /\
    m_buckets s !! h = Some b /\ is_in_range b id = true.
Proof.
  intros Hok Hi. pose proof (num_range id Hi).
  destruct (lower_bound_spec _ _ 0 id (ok_covers s p Hok) Hi ltac:(lia)) as (k & h & b & Hl & Hin & Hb & Hr).
  exists h, b, k. unfold find_bucket. by rewrite Hl.
Qed.

(** Every identifier has exactly one bucket, and that is the one
    [find_bucket] returns. *)
Theorem find_bucket_unique s id :
  router_ok s None -> is_hash id ->
  exists h b, find_bucket s id = Ok h /\ m_buckets s !! h = Some b /\ is_in_range b id = true /\
    forall h' b', m_buckets s !! h' = Some b' -> is_in_range b' id = true -> h' = h.
Proof.
  intros Hok Hi. destruct (find_bucket_ok s None id Hok Hi) as (h & b & k & Hf & Hin & Hb & Hr).
  exists h, b. split_and!; [done..|]. intros h' b' Hb' Hr'.
  destruct (ok_chain s None Hok) as [chain Hch].
  assert (Hc : h' ∈ chain) by (apply (chain_dom s chain Hch); by exists b').
  rewrite <- (chain_perm s chain Hch) in Hc. apply list_elem_of_fmap in Hc as ([k' h''] & -> & Hin').
  by apply (covers_unique _ _ 0 k' h'' b' k h b id (ok_covers s None Hok)).
Qed.

(** *** Changes that keep the structure *)

Definition shape (b : DhtBucket) : list bytes * option nat * option nat * bytes * bytes :=
  (b_nodes b, m_parent b, m_child b, m_begin b, m_end b).
Definition place (n : DhtNode) : bytes * sockaddr * option nat :=
  (n_id n, m_socket_address n, DhtNode.m_bucket n).

Definition same_shape (B B' : BucketMap) : Prop := forall h, shape <$> B' !! h = shape <$> B !! h.
Definition same_place (N N' : NodeMap) : Prop := forall id, place <$> N' !! id = place <$> N !! id.

Lemma same_shape_lookup B B' h b : same_shape B B' -> B !! h = Some b ->
  exists b', B' !! h = Some b' /\ shape b' = shape b.
Proof.
  intros Hs Hb. specialize (Hs h). rewrite Hb in Hs. destruct (B' !! h) as [b'|]; [|done].
  injection Hs as Hs. exists b'. split; [done|]. unfold shape. congruence.
Qed.

Lemma same_shape_sym B B' : same_shape B B' -> same_shape B' B.
Proof. intros Hs h. by rewrite (Hs h). Qed.

Lemma same_place_sym N N' : same_place N N' -> same_place N' N.
Proof. intros Hs h. by rewrite (Hs h). Qed.

Lemma same_place_lookup N N' id n : same_place N N' -> N !! id = Some n ->
  exists n', N' !! id = Some n' /\ place n' = place n.
Proof.
  intros Hs Hn. specialize (Hs id). rewrite Hn in Hs. destruct (N' !! id) as [n'|]; [|done].
  injection Hs as Hs. exists n'. split; [done|]. unfold place. congruence.
Qed.

Lemma same_shape_insert B h b b' : B !! h = Some b -> shape b' = shape b -> same_shape B (<[h := b']> B).
Proof.
  intros Hb Hs g. destruct (decide (h = g)) as [<-|Hne].
  - rewrite lookup_insert_eq, Hb. simpl. by rewrite Hs.
  - by rewrite lookup_insert_ne.
Qed.

Lemma same_place_insert N id n n' : N !! id = Some n -> place n' = place n -> same_place N (<[id := n']> N).
Proof.
  intros Hn Hs g. destruct (decide (id = g)) as [<-|Hne].
  - rewrite lookup_insert_eq, Hn. simpl. by rewrite Hs.
  - by rewrite lookup_insert_ne.
Qed.

(** The range and the links of a bucket. *)
Definition skeleton (b : DhtBucket) : option nat * option nat * bytes * bytes :=
  (m_parent b, m_child b, m_begin b, m_end b).
Definition same_skeleton (B B' : BucketMap) : Prop :=
  forall h, skeleton <$> B' !! h = skeleton <$> B !! h.

Lemma same_shape_skeleton B B' : same_shape B B' -> same_skeleton B B'.
Proof.
  intros Hs h. specialize (Hs h). destruct (B' !! h), (B !! h); try done.
  injection Hs as _ H1 H2 H3 H4. simpl. unfold skeleton. congruence.
Qed.

Lemma same_skeleton_lookup B B' h b : same_skeleton B B' -> B !! h = Some b ->
  exists b', B' !! h = Some b' /\ skeleton b' = skeleton b.
Proof.
  intros Hs Hb. specialize (Hs h). rewrite Hb in Hs. destruct (B' !! h) as [b'|]; [|done].
  injection Hs as Hs. exists b'. split; [done|]. unfold skeleton. congruence.
Qed.

Lemma same_skeleton_insert B h b b' : B !! h = Some b -> skeleton b' = skeleton b ->
  same_skeleton B (<[h := b']> B).
Proof.
  intros Hb Hs g. destruct (decide (h = g)) as [<-|Hne].
  - rewrite lookup_insert_eq, Hb. simpl. by rewrite Hs.
  - by rewrite lookup_insert_ne.
Qed.

Lemma covers_skeleton B B' t : forall first, same_skeleton B B' -> covers B first t -> covers B' first t.
Proof.
  induction t as [|[k h] t IH]; intros first Hs Hc; [done|].
  destruct Hc as (b & w & Hb & Hr & Hf & Hh1 & Hh2 & Hw & Hc).
  destruct (same_skeleton_lookup B B' h b Hs Hb) as (b' & Hb' & Hsh). injection Hsh as _ _ H1 H2.
  exists b', w. rewrite H1, H2. split_and!; try done. by apply IH.
Qed.

Lemma chain_ok_frame s s' chain : chain_ok s chain -> m_routingTable s' = m_routingTable s ->
  m_next s' = m_next s -> own_bucket s' = own_bucket s ->
  same_skeleton (m_buckets s) (m_buckets s') -> chain_ok s' chain.
Proof.
  intros [C1 C2 C3 C4 C5 C6] Htb Hnx How Hsk. constructor.
  - by rewrite Htb.
  - done.
  - intros i h Hh. destruct (C3 i h Hh) as (b & Hb & Hp & Hc).
    destruct (same_skeleton_lookup _ _ h b Hsk Hb) as (b' & Hb' & Hsh). injection Hsh as H1 H2 _ _.
    exists b'. by rewrite H1, H2.
  - intros h. rewrite <- C4. specialize (Hsk h).
    destruct (m_buckets s' !! h), (m_buckets s !! h); try done; split; intros [? ?]; done.
  - by rewrite Hnx.
  - by rewrite How.
Qed.

Lemma in_range_shape b b' id : shape b' = shape b -> is_in_range b' id = is_in_range b id.
Proof. intros [= _ _ _ H1 H2]. unfold is_in_range. by rewrite H1, H2. Qed.

(** Nothing that the invariant mentions differs between [s] and [s']. *)
Record same_structure (s s' : DhtRouter) : Prop := {
  st_id : router_id s' = router_id s;
  st_addr : m_socket_address (m_self s') = m_socket_address (m_self s);
  st_own : own_bucket s' = own_bucket s;
  st_table : m_routingTable s' = m_routingTable s;
  st_next : m_next s' = m_next s;
  st_shape : same_shape (m_buckets s) (m_buckets s');
  st_place : same_place (m_nodes s) (m_nodes s')
}.

Lemma router_ok_frame s s' p : router_ok s p -> same_structure s s' ->
  (forall h b, m_buckets s' !! h = Some b -> (m_fullCacheLength b <= 208)%nat) ->
  (forall id n, m_nodes s' !! id = Some n -> 0 <= m_last_seen n < 2 ^ 32 - 1) ->
  (forall hash t, m_trackers s' !! hash = Some t -> tracker_ok t) ->
  router_ok s' p.
Proof.
  intros Hok [Hid Had How Htb Hnx Hsh Hpl] Hca Hse Htr. constructor.
  - rewrite Hid. apply Hok.
  - rewrite Had. apply Hok.
  - rewrite Htb. eapply covers_skeleton; [by apply same_shape_skeleton|apply Hok].
  - destruct (ok_chain s p Hok) as [chain Hch]. exists chain.
    eapply chain_ok_frame; [done..|]. by apply same_shape_skeleton.
  - intros id n Hn. destruct (same_place_lookup _ _ id n (same_place_sym _ _ Hpl) Hn) as (n0 & Hn0 & Hp0).
    destruct (ok_nodes s p Hok id n0 Hn0) as [N1 N2 N3 N4 N5]. injection Hp0 as P1 P2 P3.
    constructor; [congruence|done|by rewrite <- P2|by apply (Hse id)|]. rewrite <- P3.
    destruct (DhtNode.m_bucket n0) as [h|]; [|done]. destruct N5 as (Hpe & b & Hb & Hin). split; [done|].
    destruct (same_shape_lookup _ _ h b Hsh Hb) as (b' & Hb' & Hsb). exists b'. split; [done|].
    injection Hsb as -> _ _ _ _. done.
  - intros h b Hb. destruct (same_shape_lookup _ _ h b (same_shape_sym _ _ Hsh) Hb) as (b0 & Hb0 & Hs0).
    destruct (ok_buckets s p Hok h b0 Hb0) as [B1 B2 B3 B4].
    assert (Hnb : b_nodes b0 = b_nodes b) by by injection Hs0.
    rewrite Hnb in *. constructor; [done|done| |by apply (Hca h)].
    intros id Hin. destruct (B3 id Hin) as [Hr (n & Hn & Hbk)].
    rewrite (in_range_shape b b0) in Hr by done. split; [done|].
    destruct (same_place_lookup _ _ id n Hpl Hn) as (n' & Hn' & Hpn). exists n'. split; [done|].
    injection Hpn as _ _ ->. done.
  - destruct (ok_own s p Hok) as (own & b & Ho & Hb & Hr).
    destruct (same_shape_lookup _ _ own b Hsh Hb) as (b' & Hb' & Hsb).
    exists own, b'. rewrite How, Hid, (in_range_shape b b') by done. done.
  - done.
Qed.

Lemma same_structure_refl s : same_structure s s.
Proof. by constructor. Qed.

(** The clock is a number of seconds that fits 32 bits. *)
Definition clock_ok (now : Z) : Prop := 0 <= now < 2 ^ 32 - 1.

Lemma ok_cache_bound s p h b : router_ok s p -> m_buckets s !! h = Some b -> (m_fullCacheLength b <= 208)%nat.
Proof. intros Hok Hb. apply (bucket_cache s h b), (ok_buckets s p Hok h b Hb). Qed.

Lemma ok_seen_bound s p id n : router_ok s p -> m_nodes s !! id = Some n -> 0 <= m_last_seen n < 2 ^ 32 - 1.
Proof. intros Hok Hn. apply (node_seen s p id n), (ok_nodes s p Hok id n Hn). Qed.

(** A change of the counters, the time or the cache of a bucket. *)
Lemma set_bucket_at_ok s p h b b' : router_ok s p -> m_buckets s !! h = Some b -> shape b' = shape b ->
  (m_fullCacheLength b' <= 208)%nat -> router_ok (set_bucket_at s h b') p.
Proof.
  intros Hok Hb Hs Hc. apply (router_ok_frame s); [done| | | |apply Hok].
  - constructor; try done. by apply (same_shape_insert _ h b).
  - intros g bg. cbn. intros Hg. apply lookup_insert_Some in Hg as [[<- <-]|[_ Hg]]; [done|].
    by eapply ok_cache_bound.
  - intros id n Hn. by eapply ok_seen_bound.
Qed.

(** A change of what is known of a node. *)
Lemma store_node_ok s p q n n' : router_ok s p -> node_at s q = Ok n -> place n' = place n ->
  0 <= m_last_seen n' < 2 ^ 32 - 1 -> router_ok (store_node s q n') p.
Proof.
  intros Hok Hn Hp Hl. destruct q as [|id]; cbn in *.
  - injection Hn as <-. injection Hp as P1 P2 P3. apply (router_ok_frame s); [done| | | |apply Hok].
    + constructor; try done; cbn; unfold router_id, own_bucket; cbn; congruence.
    + intros h b Hb. by eapply ok_cache_bound.
    + intros i m Hm. by eapply ok_seen_bound.
  - apply of_deref_ok in Hn. apply (router_ok_frame s); [done| | | |apply Hok].
    + constructor; try done. by apply (same_place_insert _ id n).
    + intros h b Hb. by eapply ok_cache_bound.
    + intros i m. cbn. intros Hm. apply lookup_insert_Some in Hm as [[<- <-]|[_ Hm]]; [done|].
      by eapply ok_seen_bound.
Qed.

Lemma emit_ok s p e : router_ok s p -> router_ok (emit s e) p.
Proof. intros [H1 H2 H3 [ch [C1 C2 C3 C4 C5 C6]] H5 H6 H7 H8]. constructor; try done.
  - exists ch. by constructor.
  - intros id n Hn. by destruct (H5 id n Hn).
  - intros h b Hb. by destruct (H6 h b Hb).
Qed.

Lemma with_contact_id_ok s p id r : router_ok s p -> router_ok (with_contact_id s id r) p.
Proof. intros [H1 H2 H3 [ch [C1 C2 C3 C4 C5 C6]] H5 H6 H7 H8]. constructor; try done.
  - exists ch. by constructor.
  - intros i n Hn. by destruct (H5 i n Hn).
  - intros h b Hb. by destruct (H6 h b Hb).
Qed.

(** *** Events of one node *)

(** A pointer to a node in a bucket. *)
Definition settled (s : DhtRouter) (q : node_ptr) (n : DhtNode) : Prop :=
  node_at s q = Ok n /\ exists h b, DhtNode.m_bucket n = Some h /\ m_buckets s !! h = Some b.

Lemma settled_self s p : router_ok s p -> settled s ptr_self (m_self s).
Proof.
  intros Hok. split; [done|]. destruct (ok_own s p Hok) as (own & b & Ho & Hb & _). by exists own, b.
Qed.

Lemma settled_node s p id n : router_ok s p -> p <> Some id -> m_nodes s !! id = Some n ->
  settled s (ptr_node id) n.
Proof.
  intros Hok Hp Hn. split; [cbn; by rewrite Hn|].
  destruct (ok_nodes s p Hok id n Hn) as [_ _ _ _ Hpl]. destruct (DhtNode.m_bucket n) as [h|]; [|done].
  destruct Hpl as (_ & b & Hb & _). by exists h, b.
Qed.

Lemma node_at_store s q n : node_at (store_node s q n) q = Ok n.
Proof. destruct q as [|id]; cbn; [done|]. by rewrite lookup_insert_eq. Qed.

Lemma node_at_set_bucket s h b q : node_at (set_bucket_at s h b) q = node_at s q.
Proof. by destruct q. Qed.

Lemma buckets_store s q n : m_buckets (store_node s q n) = m_buckets s.
Proof. by destruct q. Qed.

Lemma settled_store s q n n' : settled s q n -> place n' = place n -> settled (store_node s q n') q n'.
Proof.
  intros (_ & h & b & Hh & Hb) Hp. split; [apply node_at_store|].
  exists h, b. rewrite buckets_store. split; [|done]. injection Hp as _ _ ->. done.
Qed.

(** A bucket is told of a change; only its counters or time move. *)
Lemma change_bucket_ok s p q n f : router_ok s p -> settled s q n ->
  (forall b, shape (f b) = shape b /\ m_fullCacheLength (f b) = m_fullCacheLength b) ->
  exists s', change_bucket s (DhtNode.m_bucket n) f = Ok s' /\ router_ok s' p /\ settled s' q n /\
    m_trace s' = m_trace s.
Proof.
  intros Hok (Hn & h & b & Hh & Hb) Hf. rewrite Hh. cbn [change_bucket]. rewrite Hb. res_simpl.
  destruct (Hf b) as [Hs Hc]. eexists. split; [done|]. split_and!.
  - apply (set_bucket_at_ok s p h b); [done|done|done|]. rewrite Hc. by eapply ok_cache_bound.
  - split; [by rewrite node_at_set_bucket|].
    exists h, (f b). split; [done|]. cbn. by rewrite lookup_insert_eq.
  - done.
Qed.

Lemma set_good_ok now s p q n : router_ok s p -> settled s q n -> clock_ok now ->
  exists s' n', set_good now s q = Ok s' /\ router_ok s' p /\ settled s' q n' /\
    is_good n' = true /\ place n' = place n.
Proof.
  intros Hok Hset Hnow. unfold set_good. pose proof Hset as [Hn _]. rewrite Hn. res_simpl.
  assert (exists s1, match DhtNode.m_bucket n with
      | Some h => if negb (is_good n) then change_bucket s (Some h) (node_now_good (is_bad n)) else Ok s
      | None => Ok s end = Ok s1 /\ router_ok s1 p /\ settled s1 q n) as (s1 & -> & Hok1 & Hset1).
  { pose proof Hset as (_ & h & b & Hh & Hb). destruct (negb (is_good n)) eqn:Eg.
    - destruct (change_bucket_ok s p q n (node_now_good (is_bad n)) Hok Hset) as (s1 & H1 & H2 & H3 & _); [done|].
      exists s1. rewrite Hh in *. done.
    - exists s. rewrite Hh. done. }
  res_simpl. eexists _, _. split; [done|]. unfold clock_ok in Hnow.
  split_and!; [|by eapply settled_store|done|done].
  apply (store_node_ok s1 p q n); [done|apply Hset1|done|]. cbn. rewrite u32_small; lia.
Qed.

Lemma set_bad_ok s p q n : router_ok s p -> settled s q n -> 0 <= m_last_seen n < 2 ^ 32 - 1 ->
  exists s' n', set_bad s q = Ok s' /\ router_ok s' p /\ settled s' q n' /\ place n' = place n /\
    is_bad n' = true /\ m_last_seen n' = m_last_seen n.
Proof.
  intros Hok Hset Hseen. unfold set_bad. pose proof Hset as [Hn _]. rewrite Hn. res_simpl.
  assert (exists s1, match DhtNode.m_bucket n with
      | Some h => if negb (is_bad n) then change_bucket s (Some h) (node_now_bad (is_good n)) else Ok s
      | None => Ok s end = Ok s1 /\ router_ok s1 p /\ settled s1 q n) as (s1 & -> & Hok1 & Hset1).
  { pose proof Hset as (_ & h & b & Hh & Hb). destruct (negb (is_bad n)) eqn:Eg.
    - destruct (change_bucket_ok s p q n (node_now_bad (is_good n)) Hok Hset) as (s1 & H1 & H2 & H3 & _); [done|].
      exists s1. rewrite Hh in *. done.
    - exists s. rewrite Hh. done. }
  res_simpl. eexists _, _. split; [done|].
  split_and!; [|by eapply settled_store|done|done|done].
  apply (store_node_ok s1 p q n); [done|apply Hset1|done|done].
Qed.

Lemma inactive_ok s p id n : router_ok s p -> p <> Some id -> m_nodes s !! id = Some n ->
  exists s' n', inactive s (ptr_node id) = Ok s' /\ router_ok s' p /\ m_nodes s' !! id = Some n' /\
    place n' = place n.
Proof.
  intros Hok Hp Hn. pose proof (settled_node s p id n Hok Hp Hn) as Hset.
  unfold inactive. pose proof Hset as [Hna _]. rewrite Hna. res_simpl.
  pose proof (ok_seen_bound s p id n Hok Hn) as Hseen. case_bool.
  - destruct (set_bad_ok s p (ptr_node id) n Hok Hset Hseen) as (s' & n' & H1 & H2 & [H3 _] & H4 & _).
    exists s', n'. split_and!; [done|done| |done]. cbn in H3. by apply of_deref_ok in H3.
  - eexists _, _. split; [done|]. split_and!; [|cbn; by rewrite lookup_insert_eq|done].
    apply (store_node_ok s p (ptr_node id) n); done.
Qed.

(** *** Deleting a node *)

(** A node that waits for a bucket is in none, so only the map changes. *)
Lemma delete_pending_ok s id n : router_ok s (Some id) -> m_nodes s !! id = Some n ->
  delete_node s id = Ok (with_world s (delete id (m_nodes s)) (m_buckets s)) /\
  router_ok (with_world s (delete id (m_nodes s)) (m_buckets s)) None.
Proof.
  intros Hok Hn. pose proof (ok_nodes s _ Hok id n Hn) as [_ _ _ _ Hpl].
  destruct (DhtNode.m_bucket n) as [h|] eqn:Eb; [by destruct Hpl|].
  split; [unfold delete_node; by rewrite Hn, Eb|].
  destruct Hok as [H1 H2 H3 [ch Hch] H5 H6 H7 H8]. constructor; try done.
  - exists ch. by eapply chain_ok_frame.
  - intros i m. cbn. intros [Hne Hm]%lookup_delete_Some. destruct (H5 i m Hm) as [N1 N2 N3 N4 N5].
    constructor; try done. destruct (DhtNode.m_bucket m) as [h|]; [|congruence].
    destruct N5 as [_ N5]. done.
  - intros h b Hb. destruct (H6 h b Hb) as [B1 B2 B3 B4]. constructor; try done.
    intros i Hi. destruct (B3 i Hi) as [Hr (m & Hm & Hbk)]. split; [done|]. exists m. split; [|done].
    cbn. rewrite lookup_delete_ne; [done|]. intros ->. congruence.
Qed.

Lemma remove_node_ok nodes b id n : nodes !! id = Some n -> NoDup (b_nodes b) -> id ∈ b_nodes b ->
  exists b' l, remove_node nodes b id = Ok b' /\ erase_first id (b_nodes b) = Some l /\
    b_nodes b' = l /\ skeleton b' = skeleton b /\ m_fullCacheLength b' = 0%nat.
Proof.
  intros Hn Hnd Hin. pose proof (erase_first_spec id (b_nodes b) Hnd) as He. unfold remove_node.
  destruct (erase_first id (b_nodes b)) as [l|]; [|done].
  unfold DhtBucket.get_node. rewrite Hn. res_simpl. eexists _, l. split; [done|]. split; [done|].
  destruct (is_good n), (is_bad n); done.
Qed.

(** Deleting a node that is in a bucket. *)
Lemma delete_settled_ok s p id n h b : router_ok s p -> m_nodes s !! id = Some n ->
  DhtNode.m_bucket n = Some h -> m_buckets s !! h = Some b ->
  exists s' b', delete_node s id = Ok s' /\ router_ok s' p /\
    m_nodes s' = delete id (m_nodes s) /\ m_buckets s' = <[h := b']> (m_buckets s) /\
    skeleton b' = skeleton b /\ length (b_nodes b) = S (length (b_nodes b')) /\
    m_self s' = m_self s /\ m_routingTable s' = m_routingTable s.
Proof.
  intros Hok Hn Hh Hb. pose proof (ok_nodes s p Hok id n Hn) as [_ _ _ _ Hpl]. rewrite Hh in Hpl.
  destruct Hpl as (Hpe & b0 & Hb0 & Hin). rewrite Hb in Hb0. injection Hb0 as <-.
  destruct (ok_buckets s p Hok h b Hb) as [B1 B2 B3 B4].
  destruct (remove_node_ok (m_nodes s) b id n Hn B1 Hin) as (b' & l & Hr & He & Hl & Hsk & Hc).
  pose proof (erase_first_spec id (b_nodes b) B1) as Hsp. rewrite He in Hsp.
  destruct Hsp as (_ & Hnl & Hndl & Hlen & Hel).
  unfold delete_node. rewrite Hn, Hh, Hb. res_simpl. rewrite Hr. res_simpl.
  eexists _, b'. split; [done|]. split_and!; try done; [|rewrite Hl; lia].
  assert (Hss : same_skeleton (m_buckets s) (<[h := b']> (m_buckets s))) by by apply (same_skeleton_insert _ h b).
  destruct Hok as [H1 H2 H3 [ch Hch] H5 H6 (own & ob & Ho & Hob & Hor) H8]. constructor; try done.
  - by eapply covers_skeleton.
  - exists ch. by eapply chain_ok_frame.
  - intros i m. cbn. intros [Hne Hm]%lookup_delete_Some. destruct (H5 i m Hm) as [N1 N2 N3 N4 N5].
    constructor; try done. destruct (DhtNode.m_bucket m) as [g|]; [|done].
    destruct N5 as (Hpi & bg & Hbg & Hig). split; [done|]. cbn.
    destruct (decide (h = g)) as [<-|Hhg].
    + exists b'. rewrite lookup_insert_eq. split; [done|]. rewrite Hl. apply Hel.
      rewrite Hb in Hbg. injection Hbg as <-. done.
    + exists bg. by rewrite lookup_insert_ne.
  - intros g bg. cbn. intros Hg. apply lookup_insert_Some in Hg as [[<- <-]|[Hgh Hg]].
    + constructor; cbn.
      * by rewrite Hl.
      * rewrite Hl. lia.
      * intros i Hi. rewrite Hl in Hi. apply Hel in Hi as [Hi Hne].
        destruct (B3 i Hi) as [Hri (m & Hm & Hbm)]. split.
        { injection Hsk as _ _ S1 S2. unfold is_in_range in *. by rewrite S1, S2. }
        exists m. by rewrite lookup_delete_ne.
      * lia.
    + destruct (H6 g bg Hg) as [G1 G2 G3 G4]. constructor; try done. cbn. intros i Hi.
      destruct (G3 i Hi) as [Hri (m & Hm & Hbm)]. split; [done|]. exists m. split; [|done].
      rewrite lookup_delete_ne; [done|]. intros ->. congruence.
  - cbn. destruct (same_skeleton_lookup _ _ own ob Hss Hob) as (ob' & Hob' & Hsk').
    exists own, ob'. split_and!; [done|done|]. injection Hsk' as _ _ S1 S2.
    unfold is_in_range in *. by rewrite S1, S2.
Qed.

(** *** The candidate for replacement *)

Lemma candidate_loop_ok nodes l : forall oldest time,
  (forall id, id ∈ l -> exists n, nodes !! id = Some n /\ m_last_seen n < 2 ^ 32 - 1) ->
  (oldest = None -> time = 2 ^ 32 - 1) ->
  exists r, candidate_loop nodes false l oldest time = Ok r /\
    (r = oldest /\ (l = [] \/ is_Some oldest) \/ exists c, r = Some c /\ c ∈ l) /\
    ((exists c, r = Some c /\ node_is is_bad nodes c = true) \/ Forall (not_bad nodes) l).
Proof.
  induction l as [|id l IH]; intros oldest time Hl Ht; cbn [candidate_loop].
  { exists oldest. split; [done|]. split; [left; split; [done|by left]|by right]. }
  destruct (Hl id ltac:(left)) as (n & Hn & Hs). unfold DhtBucket.get_node. rewrite Hn. res_simpl.
  destruct (is_bad n) eqn:Ebad; cbn [andb negb].
  { exists (Some id). split; [done|]. split; [right; exists id; split; [done|left]|left; exists id]. split; [done|]. unfold node_is. by rewrite Hn. }
  assert (Hnb : not_bad nodes id) by (unfold not_bad, node_is; by rewrite Hn).
  destruct (Z.ltb_spec (m_last_seen n) time) as [Hlt|Hge].
  - destruct (IH (Some id) (m_last_seen n)) as (r & Hr & Hc & Hall); [intros; apply Hl; by right|done|].
    exists r. split; [done|]. split; [|destruct Hall; [by left|right; by constructor]]. right. destruct Hc as [[-> _]|(c & -> & Hc)].
    + exists id. split; [done|left].
    + exists c. split; [done|by right].
  - destruct oldest as [o|]; [|rewrite Ht in Hge by done; lia].
    destruct (IH (Some o) time) as (r & Hr & Hc & Hall); [intros; apply Hl; by right|done|].
    exists r. split; [done|]. split; [|destruct Hall; [by left|right; by constructor]]. destruct Hc as [[-> _]|(c & -> & Hc)].
    + left. split; [done|by right].
    + right. exists c. split; [done|by right].
Qed.

Lemma candidate_ok s p h b : router_ok s p -> m_buckets s !! h = Some b -> is_full b = true ->
  exists c n, find_replacement_candidate (m_nodes s) b false = Ok (Some c) /\ c ∈ b_nodes b /\
    m_nodes s !! c = Some n /\ DhtNode.m_bucket n = Some h /\
    (is_bad n = false -> Forall (not_bad (m_nodes s)) (b_nodes b)).
Proof.
  intros Hok Hb Hf. destruct (ok_buckets s p Hok h b Hb) as [B1 B2 B3 B4].
  unfold find_replacement_candidate.
  destruct (candidate_loop_ok (m_nodes s) (b_nodes b) None (2 ^ 32 - 1)) as (r & Hr & Hc & Hall); [|done|].
  { intros id Hid. destruct (B3 id Hid) as [_ (n & Hn & _)]. exists n. split; [done|].
    apply (ok_seen_bound s p id n Hok Hn). }
  destruct Hc as [[_ [Hnil|[? ?]]]|(c & -> & Hc)]; [|done|].
  - unfold is_full in Hf. by rewrite Hnil in Hf.
  - destruct (B3 c Hc) as [_ (n & Hn & Hbn)]. exists c, n. split_and!; try done. intros Hbad.
    destruct Hall as [(c' & [= <-] & Hb')|Hall]; [|done]. unfold node_is in Hb'. rewrite Hn in Hb'. congruence.
Qed.

(** A full bucket with one more identifier in its range is wide enough to be
    split. *)
Lemma full_bucket_wide s p h b w id : router_ok s p -> m_buckets s !! h = Some b -> is_full b = true ->
  block w (m_begin b) (m_end b) -> is_hash (m_begin b) -> is_hash (m_end b) -> is_hash id ->
  id ∉ b_nodes b -> is_in_range b id = true -> 4 <= w.
Proof.
  intros Hok Hb Hf Hw Hh1 Hh2 Hid Hni Hr. destruct (ok_buckets s p Hok h b Hb) as [B1 B2 B3 B4].
  assert (Hnd : NoDup (num <$> id :: b_nodes b)).
  { apply NoDup_fmap_2_strong; [|by apply NoDup_cons].
    assert (Hall : forall x, x ∈ id :: b_nodes b -> is_hash x).
    { intros x [->|Hx]%elem_of_cons; [done|]. destruct (B3 x Hx) as [_ (n & Hn & _)].
      apply (node_hash s p x n), (ok_nodes s p Hok x n Hn). }
    intros x y Hx Hy. apply num_inj; auto. }
  assert (Hsub : (num <$> id :: b_nodes b) ⊆ zrange (num (m_begin b)) (Z.to_nat (2 ^ w))).
  { intros z Hz. apply list_elem_of_fmap in Hz as (x & -> & Hx).
    assert (Hxr : is_in_range b x = true /\ is_hash x).
    { apply elem_of_cons in Hx as [->|Hx]; [done|]. destruct (B3 x Hx) as [? (n & Hn & _)].
      split; [done|]. apply (node_hash s p x n), (ok_nodes s p Hok x n Hn). }
    destruct Hxr as [Hxr Hxh]. apply in_range_num in Hxr; [|done..].
    destruct Hw as (_ & _ & _ & Hk & _ & He). apply elem_of_zrange.
    assert (0 < 2 ^ w) by (apply Z.pow_pos_nonneg; lia). rewrite Z2Nat.id by lia. lia. }
  apply NoDup_submseteq in Hsub; [|done]. apply submseteq_length in Hsub.
  unfold zrange in Hsub. rewrite !length_fmap, length_seq in Hsub. cbn [length] in Hsub.
  unfold is_full, DhtBucket.num_nodes in Hf. apply Nat.leb_le in Hf.
  destruct Hw as (_ & _ & _ & Hk & _). destruct (Z_lt_le_dec w 4) as [Hlt|]; [|done].
  assert (2 ^ w <= 2 ^ 3) by (apply Z.pow_le_mono_r; lia). lia.
Qed.

(** *** Splitting the own bucket *)

Lemma set_buckets_spec o l : forall nodes, (forall id, id ∈ l -> is_Some (nodes !! id)) ->
  exists nodes', set_buckets nodes l o = Ok nodes' /\
    forall id, nodes' !! id = if decide (id ∈ l) then (fun n => DhtNode.set_bucket n (Some o)) <$> nodes !! id
                              else nodes !! id.
Proof.
  induction l as [|x l IH]; intros nodes Hl; cbn [set_buckets].
  { exists nodes. split; [done|]. intros id. rewrite decide_False; [done|apply not_elem_of_nil]. }
  destruct (Hl x ltac:(left)) as [n Hn]. unfold DhtBucket.get_node. rewrite Hn. res_simpl.
  destruct (IH (<[x := DhtNode.set_bucket n (Some o)]> nodes)) as (N & HN & Hs).
  { intros id Hid. rewrite lookup_insert_is_Some. destruct (decide (x = id)); [by left|right]. split; [done|].
    apply Hl. by right. }
  exists N. split; [done|]. intros id. rewrite Hs. destruct (decide (x = id)) as [<-|Hne].
  - rewrite lookup_insert_eq, Hn. rewrite (decide_True (P := x ∈ x :: l)) by left. by case_decide.
  - rewrite lookup_insert_ne by done. destruct (decide (id ∈ l)) as [Hin|Hni].
    + by rewrite (decide_True (P := id ∈ x :: l)) by by right.
    + by rewrite (decide_False (P := id ∈ x :: l)) by by rewrite elem_of_cons; intros [?|?].
Qed.

(** All of a bucket but its links. *)
Definition content (b : DhtBucket) : list bytes * bytes * bytes * nat :=
  (b_nodes b, m_begin b, m_end b, m_fullCacheLength b).
Definition same_content (B B' : BucketMap) : Prop := forall h, content <$> B' !! h = content <$> B !! h.

Lemma same_content_insert B B' h b b' : same_content B B' -> B !! h = Some b -> content b' = content b ->
  same_content B (<[h := b']> B').
Proof.
  intros Hs Hb Hc g. destruct (decide (h = g)) as [<-|Hne].
  - rewrite lookup_insert_eq, Hb. simpl. by rewrite Hc.
  - rewrite lookup_insert_ne by done. apply Hs.
Qed.

Lemma snoc2_lookup (c : list nat) x y i g : (c ++ [x; y]) !! i = Some g ->
  c !! i = Some g \/ (i = length c /\ g = x) \/ (i = S (length c) /\ g = y).
Proof.
  intros Hl. apply lookup_app_Some in Hl as [Hl|[Hge Hl]]; [by left|].
  destruct (i - length c)%nat as [|[|k]] eqn:E; simpl in Hl; [| |done]; injection Hl as <-.
  - right; left. split; [lia|done].
  - right; right. split; [lia|done].
Qed.

Lemma snoc_lookup_lt (c d : list nat) i g : c !! i = Some g ->
  match i with O => None | S j => (c ++ d) !! j end = match i with O => None | S j => c !! j end.
Proof.
  intros Hi. destruct i as [|j]; [done|]. apply lookup_lt_Some in Hi. by rewrite lookup_app_l by lia.
Qed.

Lemma snoc_last_parent (c d : list nat) :
  match length c with O => None | S j => (c ++ d) !! j end = last c.
Proof.
  rewrite last_lookup. destruct (length c) as [|j] eqn:E; [by destruct c|].
  simpl. by rewrite lookup_app_l by lia.
Qed.

(** The lower half, which holds the router, becomes the last of the chain. *)
Lemma link_lower B c h o b other : linked B (c ++ [h]) -> NoDup (c ++ [h]) -> o ∉ c ++ [h] ->
  B !! h = Some b -> B !! o = Some other -> m_child other = None ->
  exists B', link_halves B h o true = Ok B' /\ linked B' (c ++ [h; o]) /\ same_content B B' /\
    (forall g, g ∉ [h; o] -> B' !! g = B !! g).
Proof.
  intros Hl Hnd Ho Hb Hob Hc. unfold link_halves, get_bucket. rewrite Hb, Hob. res_simpl.
  assert (Hoh : o <> h) by (intros ->; apply Ho; set_solver).
  assert (Hother : forall g, g ∉ [h; o] ->
    <[h:=with_child b (Some o)]> (<[o:=with_parent other (Some h)]> B) !! g = B !! g).
  { intros g Hg. rewrite !lookup_insert_ne; [done|set_solver|set_solver]. }
  eexists. split; [done|]. split_and!; [| |done].
  - intros i g Hg. apply NoDup_app in Hnd as (Hndc & Hhc & _).
    destruct (snoc2_lookup _ _ _ _ _ Hg) as [Hi|[[-> ->]|[-> ->]]].
    + pose proof (list_elem_of_lookup_2 _ _ _ Hi) as Hin.
      destruct (Hl i g) as (bg & Hbg & Hp & Hch); [by apply lookup_app_l_Some|].
      exists bg. rewrite Hother by (specialize (Hhc g Hin); set_solver). split; [done|].
      rewrite (snoc_lookup_lt c [h; o] i g Hi), <- (snoc_lookup_lt c [h] i g Hi). split; [done|].
      rewrite Hch. apply lookup_lt_Some in Hi. change [h; o] with ([h] ++ [o]). rewrite app_assoc.
      rewrite (lookup_app_l (c ++ [h])); [done|]. rewrite length_app. simpl. lia.
    + exists (with_child b (Some o)). rewrite lookup_insert_eq. split; [done|].
      destruct (Hl (length c) h) as (bg & Hbg & Hp & _); [by apply list_lookup_middle|].
      rewrite Hb in Hbg. injection Hbg as <-. cbn [with_child m_parent m_child].
      rewrite Hp, !snoc_last_parent. split; [done|].
      rewrite lookup_app_r by lia. by replace (S (length c) - length c)%nat with 1%nat by lia.
    + exists (with_parent other (Some h)). rewrite lookup_insert_ne, lookup_insert_eq by done. split; [done|].
      cbn [with_parent m_parent m_child]. rewrite Hc. split.
      * by rewrite list_lookup_middle.
      * symmetry. apply lookup_ge_None_2. rewrite length_app. simpl. lia.
  - apply (same_content_insert _ _ h b); [|done|done].
    apply (same_content_insert _ _ o other); [by intros g|done|done].
Qed.

(** The parent of the split bucket gets the lower half as its child; the rest
    of the chain stays as it is. *)
Lemma relink_parent B c h o b other : linked B (c ++ [h]) -> NoDup c -> m_parent b = last c ->
  m_parent other = None ->
  exists B1 other1, match m_parent b with
    | Some p => parent ← of_deref (B !! p);
        Ok (<[p := with_child parent (Some o)]> B, with_parent other (Some p))
    | None => Ok (B, other) end = Ok (B1, other1) /\ same_content B B1 /\ content other1 = content other /\
    m_parent other1 = last c /\
    forall i g, c !! i = Some g -> exists bg, B1 !! g = Some bg /\
      m_parent bg = match i with O => None | S j => c !! j end /\ m_child bg = (c ++ [o]) !! S i.
Proof.
  intros Hl Hndc Hp Hpo.
  rewrite Hp. destruct (last c) as [p|] eqn:El.
  - rewrite last_lookup in El. assert (Hlp : (c ++ [h]) !! pred (length c) = Some p) by by apply lookup_app_l_Some.
    destruct (Hl _ _ Hlp) as (bp & Hbp & Hpp & _). rewrite Hbp. res_simpl. eexists _, _. split; [done|].
    split_and!; [apply (same_content_insert _ _ p bp); [by intros g|done|done]|done|done|].
    intros i g Hi. assert (Hic : (c ++ [h]) !! i = Some g) by by apply lookup_app_l_Some.
    destruct (Hl i g Hic) as (bg & Hbg & Hpg & Hcg). rewrite (snoc_lookup_lt c [h] i g Hi) in Hpg.
    pose proof (lookup_lt_Some _ _ _ Hi) as Hlt.
    destruct (decide (p = g)) as [<-|Hne].
    + exists (with_child bp (Some o)). rewrite lookup_insert_eq. split; [done|].
      rewrite Hbp in Hbg. injection Hbg as <-. cbn [with_child m_parent m_child]. split; [done|].
      assert (i = pred (length c)) as ->.
      { rewrite NoDup_alt in Hndc. by apply (Hndc i (pred (length c)) p). }
      rewrite lookup_app_r by lia. by replace (S (pred (length c)) - length c)%nat with 0%nat by lia.
    + exists bg. rewrite lookup_insert_ne by done. split_and!; [done|done|]. rewrite Hcg.
      assert (S i < length c)%nat.
      { destruct (decide (S i = length c)) as [He|]; [|lia]. destruct Hne.
        rewrite <- He in El. simpl in El. congruence. }
      by rewrite !lookup_app_l by lia.
  - rewrite last_None in El. subst c. eexists _, _. split; [done|]. split_and!; [by intros g|done|done|].
    intros i g Hi. done.
Qed.

(** The upper half keeps the router; the lower half comes before it. *)
Lemma link_upper B c h o b other : linked B (c ++ [h]) -> NoDup (c ++ [h]) -> o ∉ c ++ [h] ->
  B !! h = Some b -> B !! o = Some other -> m_parent other = None ->
  exists B', link_halves B h o false = Ok B' /\ linked B' (c ++ [o; h]) /\ same_content B B'.
Proof.
  intros Hl Hnd Ho Hb Hob Hpo. unfold link_halves, get_bucket. rewrite Hb, Hob. res_simpl.
  assert (Hoh : o <> h) by (intros ->; apply Ho; set_solver).
  destruct (Hl (length c) h) as (bg & Hbg & Hp & Hch); [by apply list_lookup_middle|].
  rewrite Hb in Hbg. injection Hbg as <-. rewrite snoc_last_parent in Hp.
  assert (Hch' : m_child b = None).
  { rewrite Hch. apply lookup_ge_None_2. rewrite length_app. simpl. lia. } clear Hch.
  pose proof Hnd as Hnd'. apply NoDup_app in Hnd' as (Hndc & Hhc & _).
  destruct (relink_parent B c h o b other Hl Hndc Hp Hpo) as (B1 & other1 & -> & Hs1 & Ho1 & Hop & Hc1).
  res_simpl. eexists. split; [done|]. split.
  - intros i g Hg. destruct (snoc2_lookup _ _ _ _ _ Hg) as [Hi|[[-> ->]|[-> ->]]].
    + pose proof (list_elem_of_lookup_2 _ _ _ Hi) as Hin.
      destruct (Hc1 i g Hi) as (bg & Hbg & Hpg & Hcg). exists bg.
      rewrite !lookup_insert_ne by (specialize (Hhc g Hin); set_solver). split; [done|].
      rewrite (snoc_lookup_lt c [o; h] i g Hi). split; [done|]. rewrite Hcg.
      apply lookup_lt_Some in Hi. change [o; h] with ([o] ++ [h]). rewrite app_assoc.
      rewrite (lookup_app_l (c ++ [o])); [done|]. rewrite length_app. simpl. lia.
    + exists (with_child other1 (Some h)). rewrite lookup_insert_ne, lookup_insert_eq by done. split; [done|].
      cbn [with_child m_parent m_child]. rewrite snoc_last_parent. split; [done|].
      rewrite lookup_app_r by lia. by replace (S (length c) - length c)%nat with 1%nat by lia.
    + exists (with_parent b (Some o)). rewrite lookup_insert_eq. split; [done|].
      cbn [with_parent m_parent m_child]. split.
      * by rewrite list_lookup_middle.
      * rewrite Hch'. symmetry. apply lookup_ge_None_2. rewrite length_app. simpl. lia.
  - apply (same_content_insert _ _ h b); [|done|done].
    apply (same_content_insert _ _ o other); [done|done|done].
Qed.

(** Two adjacent halves in place of a bucket. *)
Record halves (b lo up : DhtBucket) : Prop := {
  halves_lo_begin : m_begin lo = m_begin b;
  halves_up_end : m_end up = m_end b;
  halves_adjacent : num (m_begin up) = num (m_end lo) + 1;
  halves_lo_hash : is_hash (m_end lo);
  halves_up_hash : is_hash (m_begin up);
  halves_lo_block : exists w, block w (m_begin lo) (m_end lo);
  halves_up_block : exists w, block w (m_begin up) (m_end up)
}.

Lemma block_nonempty w f l : block w f l -> num f <= num l.
Proof. intros (_ & _ & _ & Hk & _ & He). assert (0 < 2 ^ w) by (apply Z.pow_pos_nonneg; lia). lia. Qed.

Definition range_of (b : DhtBucket) : bytes * bytes := (m_begin b, m_end b).

Lemma covers_range B B' t : forall first, (forall k h, (k, h) ∈ t -> range_of <$> B' !! h = range_of <$> B !! h) ->
  covers B first t -> covers B' first t.
Proof.
  induction t as [|[k h] t IH]; intros first He Hc; [done|].
  destruct Hc as (b & w & Hb & Hr & Hf & Hh1 & Hh2 & Hw & Hc).
  pose proof (He k h ltac:(left)) as Hh. rewrite Hb in Hh. destruct (B' !! h) as [b'|] eqn:Hb'; [|done].
  injection Hh as E1 E2. exists b', w. rewrite E1, E2. split_and!; try done.
  apply IH; [|done]. intros k' h' Hin. apply (He k'). by right.
Qed.

Lemma covers_emplace B B' o h b lo up t : forall first, covers B first t -> NoDup t.*2 -> h ∈ t.*2 ->
  B !! h = Some b -> B' !! h = Some up -> B' !! o = Some lo -> halves b lo up ->
  (forall g, g ∈ t.*2 -> g <> h -> range_of <$> B' !! g = range_of <$> B !! g) ->
  covers B' first (table_emplace t (m_end lo) o).
Proof.
  induction t as [|[k g] t IH]; intros first Hc Hnd Hin Hb Hup Hlo Hh Hrest; [by apply not_elem_of_nil in Hin|].
  pose proof Hh as [E1 E2 E3 E4 E5 [wl E6] [wu E7]].
  pose proof (block_nonempty _ _ _ E6) as Hnl. pose proof (block_nonempty _ _ _ E7) as Hnu.
  destruct Hc as (bg & w & Hbg & Hk & Hf & Hh1 & Hh2 & Hw & Hc). rewrite fmap_cons in Hnd, Hin.
  apply NoDup_cons in Hnd as [Hgt Hnd]. cbn [table_emplace]. rewrite !hash_lt_num by done.
  destruct (decide (g = h)) as [->|Hne].
  - cbn [snd] in Hgt. rewrite Hb in Hbg. injection Hbg as <-. subst k. rewrite E2 in *.
    rewrite (proj2 (Z.ltb_lt (num (m_end lo)) (num (m_end b)))) by lia.
    exists lo, wl. rewrite <- Hf, E1. rewrite E1 in *. split_and!; try done.
    exists up, wu. rewrite E2. split_and!; try done.
    apply (covers_range B); [|done]. intros k' h' Hin'. apply Hrest.
    + right. by apply (list_elem_of_fmap_2 snd _ (k', h')).
    + intros ->. apply Hgt. by apply (list_elem_of_fmap_2 snd _ (k', h)).
  - apply elem_of_cons in Hin as [->|Hin]; [done|].
    pose proof Hin as Hin2. apply list_elem_of_fmap in Hin2 as ([kh h'] & Hheq & Hin2). cbn in Hheq. subst h'.
    destruct (covers_entry B t _ _ _ Hc Hin2) as (bh & wh & Hbh & _ & _ & _ & _ & Hfirst & _).
    rewrite Hb in Hbh. injection Hbh as <-. rewrite E1 in Hnl.
    rewrite (proj2 (Z.ltb_ge (num (m_end lo)) (num k))) by lia.
    rewrite (proj2 (Z.ltb_lt (num k) (num (m_end lo)))) by lia.
    pose proof (Hrest g ltac:(left) Hne) as Hg. rewrite Hbg in Hg. destruct (B' !! g) as [bg'|] eqn:Hbg'; [|done].
    injection Hg as G1 G2. exists bg', w. rewrite G1, G2. split_and!; try done.
    apply IH; try done. intros g' Hg' Hne'. apply Hrest; [by right|done].
Qed.

Lemma table_emplace_perm B o h b lo up t : forall first, covers B first t -> NoDup t.*2 -> h ∈ t.*2 ->
  B !! h = Some b -> halves b lo up -> (table_emplace t (m_end lo) o).*2 ≡ₚ o :: t.*2.
Proof.
  induction t as [|[k g] t IH]; intros first Hc Hnd Hin Hb Hh; [by apply not_elem_of_nil in Hin|].
  pose proof Hh as [E1 E2 E3 E4 E5 [wl E6] [wu E7]].
  pose proof (block_nonempty _ _ _ E6) as Hnl. pose proof (block_nonempty _ _ _ E7) as Hnu.
  destruct Hc as (bg & w & Hbg & Hk & Hf & Hh1 & Hh2 & Hw & Hc). rewrite fmap_cons in Hnd, Hin.
  apply NoDup_cons in Hnd as [Hgt Hnd]. cbn [table_emplace]. rewrite !hash_lt_num by done.
  destruct (decide (g = h)) as [->|Hne].
  - rewrite Hb in Hbg. injection Hbg as <-. subst k. rewrite E2 in *.
    by rewrite (proj2 (Z.ltb_lt (num (m_end lo)) (num (m_end b)))) by lia.
  - apply elem_of_cons in Hin as [->|Hin]; [done|].
    pose proof Hin as Hin2. apply list_elem_of_fmap in Hin2 as ([kh h'] & Hheq & Hin2). cbn in Hheq. subst h'.
    destruct (covers_entry B t _ _ _ Hc Hin2) as (bh & wh & Hbh & _ & _ & _ & _ & Hfirst & _).
    rewrite Hb in Hbh. injection Hbh as <-. rewrite E1 in Hnl.
    rewrite (proj2 (Z.ltb_ge (num (m_end lo)) (num k))) by lia.
    rewrite (proj2 (Z.ltb_lt (num k) (num (m_end lo)))) by lia.
    rewrite !fmap_cons, (IH _ Hc Hnd Hin Hb Hh). cbn [snd]. constructor.
Qed.

(** What a split of bucket [h] into itself and [o] leaves. *)
Record split_result (s : DhtRouter) (c : list nat) (h o : nat) (b : DhtBucket)
    (N' : NodeMap) (B' : BucketMap) (lo up : DhtBucket) : Prop := {
  split_lo : B' !! o = Some lo;
  split_up : B' !! h = Some up;
  split_halves : halves b lo up;
  split_widths : forall w, block w (m_begin b) (m_end b) ->
    block (w - 1) (m_begin lo) (m_end lo) /\ block (w - 1) (m_begin up) (m_end up);
  split_lo_nodes : b_nodes lo = filter (fun i => is_in_range up i = false) (b_nodes b);
  split_up_nodes : b_nodes up = filter (fun i => is_in_range up i = true) (b_nodes b);
  split_lo_cache : m_fullCacheLength lo = 0%nat;
  split_up_cache : m_fullCacheLength up = m_fullCacheLength b;
  split_others : forall g, g <> h -> g <> o -> content <$> B' !! g = content <$> m_buckets s !! g;
  split_nodes : forall id, N' !! id = if decide (id ∈ b_nodes lo)
    then (fun n => DhtNode.set_bucket n (Some o)) <$> m_nodes s !! id else m_nodes s !! id;
  split_linked : linked B' (c ++ if is_in_range lo (router_id s) then [h; o] else [o; h])
}.

Lemma bucket_count_ok nodes b : (forall id, id ∈ b_nodes b -> is_Some (nodes !! id)) ->
  exists g d, bucket_count nodes b = Ok (with_counts b g d).
Proof.
  intros Hl. unfold bucket_count. rewrite !count_nodes_ok by done. res_simpl. by eexists _, _.
Qed.

Lemma split_spec now s p c h b w : router_ok s p -> chain_ok s (c ++ [h]) -> m_buckets s !! h = Some b ->
  block w (m_begin b) (m_end b) -> is_hash (m_begin b) -> is_hash (m_end b) -> 1 <= w ->
  exists N' B' lo up, split now (m_nodes s) (m_buckets s) h (m_next s) (router_id s) = Ok (N', B') /\
    split_result s c h (m_next s) b N' B' lo up.
Proof.
  intros Hok Hch Hb Hw Hh1 Hh2 H1. set (o := m_next s). set (mid := get_mid_point b).
  destruct (block_halves w _ _ Hw H1) as (Hlo & Hup & Hadj). fold (get_mid_point b) in Hlo, Hup, Hadj.
  fold mid in Hlo, Hup, Hadj.
  assert (Hmid : is_hash mid).
  { destruct Hlo as (_ & H2 & H3 & _). destruct Hh1. split; [congruence|done]. }
  assert (Hinc : is_hash (fst (increment mid))).
  { destruct Hup as (H2 & _ & H3 & _). destruct Hh2. split; [congruence|done]. }
  destruct (ok_buckets s p Hok h b Hb) as [B1 B2 B3 B4].
  unfold split, get_bucket. rewrite Hb. res_simpl. fold mid. cbn [b_nodes with_begin with_nodes].
  set (bu := with_begin b (fst (increment mid))).
  set (low := filter (fun i => is_in_range bu i = false) (b_nodes b)).
  set (high := filter (fun i => is_in_range bu i = true) (b_nodes b)).
  destruct (set_buckets_spec o low (m_nodes s)) as (N' & -> & HN').
  { intros id [_ Hid]%list_elem_of_filter. destruct (B3 id Hid) as [_ (n & Hn & _)]. by exists n. }
  assert (Hex : forall id, id ∈ b_nodes b -> is_Some (N' !! id)).
  { intros id Hid. rewrite HN'. destruct (B3 id Hid) as [_ (n & Hn & _)]. rewrite Hn. by case_decide. }
  res_simpl. cbn [m_last_changed with_nodes bu with_begin].
  match goal with |- context [bucket_count N' ?x ≫= _] => destruct (bucket_count_ok N' x) as (g1 & d1 & ->) end.
  { intros id [_ Hid]%list_elem_of_filter. by apply Hex. }
  res_simpl.
  match goal with |- context [bucket_count N' ?x ≫= _] => destruct (bucket_count_ok N' x) as (g2 & d2 & ->) end.
  { intros id [_ Hid]%list_elem_of_filter. by apply Hex. }
  res_simpl.
  match goal with |- context [link_halves (<[h:=?u]> (<[o:=?l]> _))] => set (up := u); set (lo := l) end.
  set (B0 := <[h:=up]> (<[o:=lo]> (m_buckets s))).
  pose proof Hch as [C1 C2 C3 C4 C5 C6].
  assert (Ho : o ∉ c ++ [h]) by (intros Hin%C5; unfold o in Hin; lia).
  assert (Hoh : o <> h) by (intros E; apply Ho; rewrite E; set_solver).
  assert (Hl0 : linked B0 (c ++ [h])).
  { intros i g Hg. destruct (C3 i g Hg) as (bg & Hbg & Hp & Hc').
    assert (g <> o) by (intros ->; apply Ho; by eapply list_elem_of_lookup_2).
    destruct (decide (g = h)) as [->|Hne].
    - exists up. unfold B0. rewrite lookup_insert_eq. rewrite Hb in Hbg. injection Hbg as <-. done.
    - exists bg. unfold B0. by rewrite !lookup_insert_ne. }
  assert (Hup0 : B0 !! h = Some up) by (unfold B0; by rewrite lookup_insert_eq).
  assert (Hlo0 : B0 !! o = Some lo) by (unfold B0; rewrite lookup_insert_ne, lookup_insert_eq; done).
  assert (exists B', link_halves B0 h o (is_in_range lo (router_id s)) = Ok B' /\
    linked B' (c ++ if is_in_range lo (router_id s) then [h; o] else [o; h]) /\ same_content B0 B')
    as (B' & -> & HlB & HcB).
  { destruct (is_in_range lo (router_id s)).
    - destruct (link_lower B0 c h o up lo) as (B' & ? & ? & ? & _); try done. by exists B'.
    - by apply (link_upper B0 c h o up lo). }
  res_simpl.
  pose proof (HcB h) as Hch'. rewrite Hup0 in Hch'. destruct (B' !! h) as [up'|] eqn:Eup; [|done].
  pose proof (HcB o) as Hco'. rewrite Hlo0 in Hco'. destruct (B' !! o) as [lo'|] eqn:Elo; [|done].
  injection Hch' as U1 U2 U3 U4. injection Hco' as L1 L2 L3 L4.
  assert (Hru : forall i, is_in_range up' i = is_in_range bu i).
  { intros i. unfold is_in_range. rewrite U2, U3. done. }
  assert (Hrl : is_in_range lo' (router_id s) = is_in_range lo (router_id s)).
  { unfold is_in_range. rewrite L2, L3. done. }
  exists N', B', lo', up'. split; [done|]. constructor; try done.
  - constructor; rewrite ?L2, ?L3, ?U2, ?U3; try done; by exists (w - 1).
  - intros w' Hw'. rewrite L2, L3, U2, U3. assert (w' = w) as ->; [|done].
    destruct Hw as (_ & _ & _ & Hk & _ & He), Hw' as (_ & _ & _ & Hk' & _ & He').
    assert (2 ^ w' = 2 ^ w) by lia. apply (Z.pow_inj_r 2); lia.
  - rewrite L1. unfold lo. cbn. apply list_filter_iff. intros i. by rewrite Hru.
  - rewrite U1. unfold up. cbn. apply list_filter_iff. intros i. by rewrite Hru.
  - intros g Hgh Hgo. rewrite (HcB g). unfold B0. by rewrite !lookup_insert_ne.
  - intros id. rewrite HN'. by rewrite L1.
  - by rewrite Hrl.
Qed.

Lemma halves_partition b lo up id : halves b lo up -> is_hash (m_begin b) -> is_hash (m_end b) -> is_hash id ->
  is_in_range b id = true -> is_in_range up id = negb (is_in_range lo id).
Proof.
  intros [E1 E2 E3 E4 E5 _ _] Hb He Hi Hr. apply in_range_num in Hr; [|done..].
  assert (Hl : is_in_range lo id = true <-> num id <= num (m_end lo)).
  { rewrite in_range_num by congruence. rewrite E1. lia. }
  assert (Hu : is_in_range up id = true <-> num (m_end lo) < num id).
  { rewrite in_range_num by congruence. rewrite E2. lia. }
  destruct (is_in_range up id), (is_in_range lo id); simpl; try done.
  - assert (num (m_end lo) < num id) by by apply Hu. assert (num id <= num (m_end lo)) by by apply Hl. lia.
  - assert (~ num (m_end lo) < num id) by by rewrite <- Hu. assert (~ num id <= num (m_end lo)) by by rewrite <- Hl. lia.
Qed.

(** The router after the split, with its own bucket and the table updated. *)
Definition after_split (s : DhtRouter) (N' : NodeMap) (B' : BucketMap) (lo : DhtBucket) (o : nat) : DhtRouter :=
  let s := with_world s N' B' in
  let s := if is_in_range lo (router_id s) then with_self s (DhtNode.set_bucket (m_self s) (Some o)) else s in
  with_table s (S o) (table_emplace (m_routingTable s) (m_end lo) o).

Lemma after_split_fields s N' B' lo o :
  m_nodes (after_split s N' B' lo o) = N' /\ m_buckets (after_split s N' B' lo o) = B' /\
  m_next (after_split s N' B' lo o) = S o /\
  m_routingTable (after_split s N' B' lo o) = table_emplace (m_routingTable s) (m_end lo) o /\
  n_id (m_self (after_split s N' B' lo o)) = router_id s /\
  m_socket_address (m_self (after_split s N' B' lo o)) = m_socket_address (m_self s) /\
  m_trackers (after_split s N' B' lo o) = m_trackers s /\
  own_bucket (after_split s N' B' lo o) = (if is_in_range lo (router_id s) then Some o else own_bucket s).
Proof.
  unfold after_split. change (router_id (with_world s N' B')) with (router_id s).
  destruct (is_in_range lo (router_id s)); cbn; split_and!; done.
Qed.

Section after_split.
Context (s : DhtRouter) (p : option bytes) (c : list nat) (h : nat) (b : DhtBucket).
Context (N' : NodeMap) (B' : BucketMap) (lo up : DhtBucket).
Context (Hok : router_ok s p) (Hch : chain_ok s (c ++ [h])) (Hb : m_buckets s !! h = Some b).
Context (Hh1 : is_hash (m_begin b)) (Hh2 : is_hash (m_end b)).
Context (HR : split_result s c h (m_next s) b N' B' lo up).

Let o := m_next s.

Lemma split_fresh : (o ∉ c ++ [h]) /\ o <> h /\ m_buckets s !! o = None.
Proof.
  assert (Ho : o ∉ c ++ [h]) by (intros Hin%(chain_next_free s _ Hch); unfold o in Hin; lia).
  split_and!; [done|intros E; apply Ho; rewrite E; set_solver|].
  apply eq_None_not_Some. by rewrite (chain_dom s _ Hch).
Qed.

Lemma split_old_node id : id ∈ b_nodes b -> is_in_range b id = true /\ is_hash id /\
  exists n, m_nodes s !! id = Some n /\ DhtNode.m_bucket n = Some h.
Proof.
  intros Hid. destruct (bucket_nodes s h b (ok_buckets s p Hok h b Hb) id Hid) as [Hr (n & Hn & Hbk)].
  split_and!; [done| |by exists n]. apply (node_hash s p id n), (ok_nodes s p Hok id n Hn).
Qed.

Lemma split_in_lo id : id ∈ b_nodes lo <-> id ∈ b_nodes b /\ is_in_range up id = false.
Proof. rewrite (split_lo_nodes _ _ _ _ _ _ _ _ _ HR), list_elem_of_filter. tauto. Qed.

Lemma split_in_up id : id ∈ b_nodes up <-> id ∈ b_nodes b /\ is_in_range up id = true.
Proof. rewrite (split_up_nodes _ _ _ _ _ _ _ _ _ HR), list_elem_of_filter. tauto. Qed.

(** A bucket of the new store: one of the halves, or an old one. *)
Lemma split_bucket_cases g bg : B' !! g = Some bg ->
  (g = h /\ bg = up) \/ (g = o /\ bg = lo) \/
  (g <> h /\ g <> o /\ exists bg0, m_buckets s !! g = Some bg0 /\ content bg = content bg0).
Proof.
  intros Hg. destruct split_fresh as (_ & Hoh & _).
  destruct (decide (g = h)) as [->|Hgh].
  { left. rewrite (split_up _ _ _ _ _ _ _ _ _ HR) in Hg. by injection Hg as <-. }
  destruct (decide (g = o)) as [->|Hgo].
  { right; left. unfold o in Hg. rewrite (split_lo _ _ _ _ _ _ _ _ _ HR) in Hg. by injection Hg as <-. }
  right; right. pose proof (split_others _ _ _ _ _ _ _ _ _ HR g Hgh Hgo) as Hc. rewrite Hg in Hc.
  split_and!; [done|done|]. destruct (m_buckets s !! g) as [bg0|]; [|done]. exists bg0.
  split; [done|]. injection Hc as H1 H2 H3 H4. unfold content. congruence.
Qed.

Lemma split_nodes_ok id n : N' !! id = Some n ->
  node_ok (after_split s N' B' lo o) p id n.
Proof.
  intros Hn. destruct split_fresh as (_ & Hoh & Hno).
  destruct (after_split_fields s N' B' lo o) as (_ & Hbk & _).
  rewrite (split_nodes _ _ _ _ _ _ _ _ _ HR) in Hn. case_decide as Hlo.
  - apply split_in_lo in Hlo as Hlo'. destruct Hlo' as [Hin _].
    destruct (split_old_node id Hin) as (Hr & Hh & n0 & Hn0 & Hb0).
    rewrite Hn0 in Hn. injection Hn as <-.
    destruct (ok_nodes s p Hok id n0 Hn0) as [N1 N2 N3 N4 N5]. rewrite Hb0 in N5. destruct N5 as [Hpe _].
    constructor; try done. cbn [DhtNode.set_bucket DhtNode.m_bucket]. split; [done|]. exists lo. split; [|done].
    rewrite Hbk. apply (split_lo _ _ _ _ _ _ _ _ _ HR).
  - destruct (ok_nodes s p Hok id n Hn) as [N1 N2 N3 N4 N5]. constructor; try done.
    destruct (DhtNode.m_bucket n) as [g|] eqn:Eg; [|done]. destruct N5 as (Hpe & bg & Hbg & Hin). split; [done|].
    rewrite Hbk. destruct (decide (g = h)) as [->|Hgh].
    + exists up. split; [apply (split_up _ _ _ _ _ _ _ _ _ HR)|]. rewrite Hb in Hbg. injection Hbg as <-.
      apply split_in_up. split; [done|]. destruct (is_in_range up id) eqn:E; [done|].
      exfalso. apply Hlo, split_in_lo. done.
    + assert (Hgo : g <> o) by congruence.
      pose proof (split_others _ _ _ _ _ _ _ _ _ HR g Hgh Hgo) as Hc. rewrite Hbg in Hc.
      destruct (B' !! g) as [bg'|]; [|done]. exists bg'. split; [done|]. injection Hc as -> _ _ _. done.
Qed.

Lemma split_buckets_ok g bg : B' !! g = Some bg -> bucket_ok (after_split s N' B' lo o) g bg.
Proof.
  intros Hg. destruct (after_split_fields s N' B' lo o) as (Hnd & _).
  destruct (ok_buckets s p Hok h b Hb) as [B1 B2 B3 B4]. destruct split_fresh as (_ & Hoh & _).
  assert (Hfl : forall P (D : forall x, Decision (P x)), (length (filter P (b_nodes b)) <= 8)%nat).
  { intros P D. pose proof (length_filter P (b_nodes b)). lia. }
  destruct (split_bucket_cases g bg Hg) as [[-> ->]|[[-> ->]|(Hgh & Hgo & bg0 & Hbg0 & Hc)]].
  - constructor.
    + rewrite (split_up_nodes _ _ _ _ _ _ _ _ _ HR). by apply NoDup_filter.
    + rewrite (split_up_nodes _ _ _ _ _ _ _ _ _ HR). apply Hfl.
    + intros id Hid. apply split_in_up in Hid as [Hid Hr]. split; [done|].
      destruct (split_old_node id Hid) as (_ & _ & n & Hn & Hbn). exists n. split; [|done].
      rewrite Hnd, (split_nodes _ _ _ _ _ _ _ _ _ HR), decide_False; [done|].
      rewrite split_in_lo. intros [_ ?]. congruence.
    + rewrite (split_up_cache _ _ _ _ _ _ _ _ _ HR). done.
  - constructor.
    + rewrite (split_lo_nodes _ _ _ _ _ _ _ _ _ HR). by apply NoDup_filter.
    + rewrite (split_lo_nodes _ _ _ _ _ _ _ _ _ HR). apply Hfl.
    + intros id Hid. apply split_in_lo in Hid as Hid'. destruct Hid' as [Hin Hr].
      destruct (split_old_node id Hin) as (Hrb & Hh & n & Hn & Hbn). split.
      * rewrite (halves_partition b lo up) in Hr; [|apply (split_halves _ _ _ _ _ _ _ _ _ HR)|done..].
        by apply negb_false_iff in Hr.
      * exists (DhtNode.set_bucket n (Some o)). split; [|done].
        rewrite Hnd, (split_nodes _ _ _ _ _ _ _ _ _ HR), decide_True by done. by rewrite Hn.
    + rewrite (split_lo_cache _ _ _ _ _ _ _ _ _ HR). lia.
  - destruct (ok_buckets s p Hok g bg0 Hbg0) as [G1 G2 G3 G4]. injection Hc as C1 C2 C3 C4.
    constructor; [by rewrite C1|by rewrite C1| |by rewrite C4].
    intros id Hid. rewrite C1 in Hid. destruct (G3 id Hid) as [Hr (n & Hn & Hbn)]. split.
    + unfold is_in_range in *. by rewrite C2, C3.
    + exists n. split; [|done]. rewrite Hnd, (split_nodes _ _ _ _ _ _ _ _ _ HR), decide_False; [done|].
      rewrite split_in_lo. intros [Hin _]. destruct (split_old_node id Hin) as (_ & _ & n' & Hn' & Hbn').
      congruence.
Qed.

Lemma split_table_nodup : NoDup (m_routingTable s).*2 /\ h ∈ (m_routingTable s).*2.
Proof.
  rewrite (chain_perm s _ Hch). split; [apply (chain_nodup s _ Hch)|]. set_solver.
Qed.

Lemma split_chain_ok :
  chain_ok (after_split s N' B' lo o) (c ++ if is_in_range lo (router_id s) then [h; o] else [o; h]).
Proof.
  destruct split_fresh as (Ho & Hoh & Hno). destruct split_table_nodup as [Ht1 Ht2].
  assert (Hperm : c ++ (if is_in_range lo (router_id s) then [h; o] else [o; h]) ≡ₚ o :: c ++ [h]).
  { destruct (is_in_range lo (router_id s)).
    - change [h; o] with ([h] ++ [o]). rewrite app_assoc. by rewrite (Permutation_cons_append (c ++ [h]) o).
    - symmetry. apply Permutation_middle. }
  destruct (after_split_fields s N' B' lo o) as (_ & Hbk & Hnx & Htb & _ & _ & _ & How).
  constructor.
  - rewrite Hperm, Htb.
    rewrite (table_emplace_perm (m_buckets s) o h b lo up _ 0 (ok_covers s p Hok) Ht1 Ht2 Hb
      (split_halves _ _ _ _ _ _ _ _ _ HR)).
    by rewrite (chain_perm s _ Hch).
  - rewrite Hperm. apply NoDup_cons. split; [done|apply (chain_nodup s _ Hch)].
  - rewrite Hbk. apply (split_linked _ _ _ _ _ _ _ _ _ HR).
  - intros g. rewrite Hperm. rewrite Hbk, elem_of_cons. split.
    + intros [bg Hg]. destruct (split_bucket_cases g bg Hg) as [[-> _]|[[-> _]|(_ & _ & bg0 & Hbg0 & _)]].
      * right. set_solver.
      * by left.
      * right. apply (chain_dom s _ Hch). by exists bg0.
    + intros [->|Hin]; [exists lo; apply (split_lo _ _ _ _ _ _ _ _ _ HR)|].
      destruct (decide (g = h)) as [->|Hgh]; [rewrite (split_up _ _ _ _ _ _ _ _ _ HR); by eexists|].
      assert (Hgo : g <> o) by (intros ->; done).
      apply (chain_dom s _ Hch) in Hin as [bg Hbg].
      pose proof (split_others _ _ _ _ _ _ _ _ _ HR g Hgh Hgo) as Hc. rewrite Hbg in Hc.
      destruct (B' !! g); [by eexists|done].
  - intros g Hg. rewrite Hperm in Hg. rewrite Hnx.
    apply elem_of_cons in Hg as [->|Hg]; [lia|]. apply (chain_next_free s _ Hch) in Hg. unfold o. lia.
  - rewrite How, <- (chain_last s _ Hch), last_snoc. destruct (is_in_range lo (router_id s)).
    + change [h; o] with ([h] ++ [o]). by rewrite app_assoc, last_snoc.
    + change [o; h] with ([o] ++ [h]). by rewrite app_assoc, last_snoc.
Qed.

Lemma split_router_ok : router_ok (after_split s N' B' lo o) p.
Proof.
  destruct split_fresh as (Ho & Hoh & Hno). destruct split_table_nodup as [Ht1 Ht2].
  assert (Hown : own_bucket s = Some h).
  { rewrite <- (chain_last s _ Hch). by rewrite last_snoc. }
  destruct (after_split_fields s N' B' lo o) as (S3 & S4 & _ & S6 & S1 & S2 & S5 & S7).
  constructor.
  - unfold router_id. rewrite S1. apply Hok.
  - rewrite S2. apply Hok.
  - rewrite S4, S6. apply (covers_emplace (m_buckets s) B' o h b lo up); try done.
    + apply Hok.
    + apply (split_up _ _ _ _ _ _ _ _ _ HR).
    + apply (split_lo _ _ _ _ _ _ _ _ _ HR).
    + apply (split_halves _ _ _ _ _ _ _ _ _ HR).
    + intros g Hg Hgh. assert (Hgo : g <> o).
      { intros ->. rewrite (chain_perm s _ Hch) in Hg. done. }
      pose proof (split_others _ _ _ _ _ _ _ _ _ HR g Hgh Hgo) as Hc.
      destruct (B' !! g), (m_buckets s !! g); try done. injection Hc as _ C2 C3 _. cbn. unfold range_of. congruence.
  - eexists. apply split_chain_ok.
  - rewrite S3. apply split_nodes_ok.
  - rewrite S4. apply split_buckets_ok.
  - rewrite S4. unfold router_id. rewrite S1.
    destruct (ok_own s p Hok) as (own & ob & E1 & E2 & E3). rewrite Hown in E1. injection E1 as <-.
    rewrite Hb in E2. injection E2 as <-. rewrite S7, Hown.
    destruct (is_in_range lo (router_id s)) eqn:El.
    + exists o, lo. split_and!; [done|apply (split_lo _ _ _ _ _ _ _ _ _ HR)|done].
    + exists h, up. split_and!; [done|apply (split_up _ _ _ _ _ _ _ _ _ HR)|].
      rewrite (halves_partition b lo up); [by rewrite El|apply (split_halves _ _ _ _ _ _ _ _ _ HR)|done|done|apply Hok|done].
  - rewrite S5. apply Hok.
Qed.
End after_split.

(** Only members that the invariant does not mention differ. *)
Record same_core (s s' : DhtRouter) : Prop := {
  core_self : m_self s' = m_self s;
  core_nodes : m_nodes s' = m_nodes s;
  core_buckets : m_buckets s' = m_buckets s;
  core_table : m_routingTable s' = m_routingTable s;
  core_next : m_next s' = m_next s;
  core_trackers : m_trackers s' = m_trackers s
}.

Lemma router_ok_core s s' p : router_ok s p -> same_core s s' -> router_ok s' p.
Proof.
  intros Hok [E1 E2 E3 E4 E5 E6]. apply (router_ok_frame s); [done| | | |].
  - constructor; rewrite ?E3, ?E2; try done; unfold router_id, own_bucket; congruence.
  - rewrite E3. intros h b Hb. by eapply ok_cache_bound.
  - rewrite E2. intros i n Hn. by eapply ok_seen_bound.
  - rewrite E6. apply Hok.
Qed.

Lemma same_core_trans s1 s2 s3 : same_core s1 s2 -> same_core s2 s3 -> same_core s1 s3.
Proof. intros [] []. constructor; congruence. Qed.

Lemma bucket_range s p h b : router_ok s p -> m_buckets s !! h = Some b ->
  exists w, block w (m_begin b) (m_end b) /\ is_hash (m_begin b) /\ is_hash (m_end b) /\ w <= 160.
Proof.
  intros Hok Hb. destruct (ok_chain s p Hok) as [chain Hch].
  assert (Hin : h ∈ (m_routingTable s).*2).
  { rewrite (chain_perm s _ Hch). apply (chain_dom s _ Hch). by exists b. }
  apply list_elem_of_fmap in Hin as ([k g] & -> & Hin). cbn in Hb.
  destruct (covers_entry _ _ _ _ _ (ok_covers s p Hok) Hin) as (b' & w & Hb' & He & H1 & H2 & Hw & _).
  rewrite Hb in Hb'. injection Hb' as <-. subst k. exists w. split_and!; try done.
  destruct Hw as (_ & _ & _ & Hk & _). destruct H1 as [H1 _]. unfold zlen, size_data in *. lia.
Qed.

Lemma empty_router_ok `{ByteOrder} now id cur prev rand : is_hash id -> router_ok (empty_router now id cur prev rand) None.
Proof.
  intros Hid. assert (Hz : is_hash zero_id) by (split; [done|apply Forall_replicate; unfold is_u8, u8; done]).
  assert (Ho : is_hash (hash_clear 255)) by (split; [done|apply Forall_replicate; unfold is_u8, u8; done]).
  assert (Nz : num zero_id = 0) by by vm_compute. assert (No : num (hash_clear 255) = 2 ^ 160 - 1) by by vm_compute.
  assert (Hr : is_in_range (new_bucket now zero_id (hash_clear 255)) id = true).
  { apply in_range_num; [done..|]. cbn [m_begin m_end new_bucket]. rewrite Nz, No. pose proof (num_range id Hid). lia. }
  assert (Hblk : block 160 zero_id (hash_clear 255)).
  { unfold block. rewrite No, Nz. split_and!; try done; [apply Hz|apply Ho]. }
  constructor; cbn [empty_router m_self m_buckets m_routingTable m_nodes m_trackers].
  - done.
  - by eexists.
  - exists (new_bucket now zero_id (hash_clear 255)), 160. rewrite lookup_singleton_eq.
    split_and!; done.
  - exists [0%nat]. constructor; cbn.
    + done.
    + apply NoDup_singleton.
    + intros [|i] h Hh; [|done]. injection Hh as <-. eexists. rewrite lookup_singleton_eq. done.
    + intros h. rewrite lookup_singleton_is_Some. set_solver.
    + set_solver by lia.
    + done.
  - intros i n. by rewrite lookup_empty.
  - intros h b [<- <-]%lookup_singleton_Some. constructor; cbn; [constructor|lia| |lia]. intros i Hi. by apply not_elem_of_nil in Hi.
  - exists 0%nat. eexists. rewrite lookup_singleton_eq. split_and!; done.
  - intros h t. by rewrite lookup_empty.
Qed.

Section events.
Context `{ByteOrder}.
Variable random : nat -> Z.

Lemma bootstrap_bucket_ok s p h b : router_ok s p -> m_buckets s !! h = Some b ->
  exists s', bootstrap_bucket random s h = Ok s' /\ router_ok s' p /\ same_core s s' /\
    m_contacts s' = m_contacts s /\ m_numRefresh s' = m_numRefresh s.
Proof.
  intros Hok Hb. unfold bootstrap_bucket. destruct (m_active s); cbn [negb]; [|by exists s].
  case_bool_decide; res_simpl; [|rewrite Hb; res_simpl]; eexists; (split; [done|]);
    (split_and!; [by apply emit_ok, with_contact_id_ok|by constructor|done|done]).
Qed.

(** A bucket that was just made empty is searched for nodes. *)
Lemma fill_if_empty_ok s p h b : router_ok s p -> m_buckets s !! h = Some b ->
  exists e s', bucket_empty s h = Ok e /\
    (if e : bool then bootstrap_bucket random s h else Ok s) = Ok s' /\ router_ok s' p /\ same_core s s'.
Proof.
  intros Hok Hb. unfold bucket_empty. rewrite Hb. res_simpl.
  exists (match b_nodes b with [] => true | _ => false end).
  destruct (bootstrap_bucket_ok s p h b Hok Hb) as (s' & H1 & H2 & H3 & _).
  destruct (b_nodes b); [by exists s'|exists s; split_and!; [done..|by constructor]].
Qed.

Lemma table_emplace_length t k h : (length (table_emplace t k h) <= S (length t))%nat.
Proof. induction t as [|[k' h'] t IH]; cbn [table_emplace]; [done|]. destruct (hash_lt k k'), (hash_lt k' k); simpl; lia. Qed.

(** What is known of a node but its bucket. *)
Definition bad_of (s : DhtRouter) (id : bytes) : option bool := is_bad <$> m_nodes s !! id.

Lemma split_bucket_ok now s p h b w id : router_ok s p -> own_bucket s = Some h ->
  m_buckets s !! h = Some b -> block w (m_begin b) (m_end b) -> 1 <= w ->
  is_hash id -> is_in_range b id = true ->
  exists s' h' b', split_bucket random now s h id = Ok (s', h') /\ router_ok s' p /\
    m_buckets s' !! h' = Some b' /\ is_in_range b' id = true /\ block (w - 1) (m_begin b') (m_end b') /\
    router_id s' = router_id s /\ dom (m_nodes s') = dom (m_nodes s) /\
    (forall i n, m_nodes s !! i = Some n -> i ∉ b_nodes b -> m_nodes s' !! i = Some n) /\
    (length (m_routingTable s') <= S (length (m_routingTable s)))%nat /\ (forall i, bad_of s' i = bad_of s i).
Proof.
  intros Hok Hown Hb Hw H1 Hid Hr.
  destruct (bucket_range s p h b Hok Hb) as (_ & _ & Hh1 & Hh2 & _).
  destruct (ok_chain s p Hok) as [chain Hch].
  assert (exists c, chain = c ++ [h]) as [c ->].
  { apply last_Some. by rewrite (chain_last s _ Hch). }
  destruct (split_spec now s p c h b w Hok Hch Hb Hw Hh1 Hh2 H1) as (N' & B' & lo & up & Hs & HR).
  pose proof (split_router_ok s p c h b N' B' lo up Hok Hch Hb Hh1 Hh2 HR) as Hok'.
  set (s2 := after_split s N' B' lo (m_next s)) in *.
  destruct (split_widths _ _ _ _ _ _ _ _ _ HR w Hw) as [Hwl Hwu].
  pose proof (split_halves _ _ _ _ _ _ _ _ _ HR) as Hhv.
  pose proof (split_lo _ _ _ _ _ _ _ _ _ HR) as Hlo. pose proof (split_up _ _ _ _ _ _ _ _ _ HR) as Hup.
  destruct (after_split_fields s N' B' lo (m_next s)) as (Hnd & Hbk & _ & Htb & Hid2 & _ & _ & How).
  fold s2 in Hnd, Hbk, Htb, Hid2, How.
  assert (Hnodes : forall i n, m_nodes s !! i = Some n -> i ∉ b_nodes b -> m_nodes s2 !! i = Some n).
  { intros i n Hn Hni. rewrite Hnd, (split_nodes _ _ _ _ _ _ _ _ _ HR), decide_False; [done|].
    rewrite (split_lo_nodes _ _ _ _ _ _ _ _ _ HR), list_elem_of_filter. tauto. }
  assert (Hdom : dom (m_nodes s2) = dom (m_nodes s)).
  { rewrite Hnd. apply set_eq. intros i. rewrite !elem_of_dom, (split_nodes _ _ _ _ _ _ _ _ _ HR).
    case_decide; [|done]. by rewrite fmap_is_Some. }
  assert (Htl : (length (m_routingTable s2) <= S (length (m_routingTable s)))%nat) by (rewrite Htb; apply table_emplace_length).
  assert (Hbad : forall i, bad_of s2 i = bad_of s i).
  { intros i. unfold bad_of. rewrite Hnd, (split_nodes _ _ _ _ _ _ _ _ _ HR). case_decide; [|done]. by destruct (m_nodes s !! i). }
  (* the child of the upper half tells where the router went *)
  assert (Hchild : m_child up = if is_in_range lo (router_id s) then Some (m_next s) else None).
  { pose proof (split_linked _ _ _ _ _ _ _ _ _ HR) as Hl. destruct (is_in_range lo (router_id s)).
    - destruct (Hl (length c) h) as (u & Hu & _ & Hc); [by apply list_lookup_middle|].
      rewrite Hup in Hu. injection Hu as <-. rewrite Hc, lookup_app_r by lia.
      by replace (S (length c) - length c)%nat with 1%nat by lia.
    - destruct (Hl (S (length c)) h) as (u & Hu & _ & Hc).
      { rewrite lookup_app_r by lia. by replace (S (length c) - length c)%nat with 1%nat by lia. }
      rewrite Hup in Hu. injection Hu as <-. rewrite Hc. apply lookup_ge_None_2. rewrite length_app. simpl. lia. }
  destruct (ok_own s2 p Hok') as (own & ob & Eo & Eob & Eor).
  unfold split_bucket. rewrite Hs. res_simpl. change (own_bucket (with_world s N' B')) with (own_bucket s).
  rewrite Hown. res_simpl. cbn [with_world m_buckets]. rewrite Hup. res_simpl. rewrite Hchild.
  set (s1 := match (if is_in_range lo (router_id s) then Some (m_next s) else None) with
             | Some c0 => with_self (with_world s N' B') (DhtNode.set_bucket (m_self (with_world s N' B')) (Some c0))
             | None => with_world s N' B' end).
  assert (Hs1 : own_bucket s1 = own_bucket s2 /\ m_buckets s1 = B' /\ router_id s1 = router_id s2 /\
    with_table s1 (S (m_next s)) (table_emplace (m_routingTable s1) (m_end lo) (m_next s)) = s2).
  { unfold s1, s2, after_split. change (router_id (with_world s N' B')) with (router_id s).
    by destruct (is_in_range lo (router_id s)). }
  destruct Hs1 as (F1 & F2 & F3 & F4). rewrite F1, Eo. res_simpl. rewrite F2. rewrite Hbk in Eob. rewrite Eob. res_simpl.
  rewrite F3, Eor. cbn [negb]. res_simpl. rewrite Hlo. res_simpl. rewrite F4.
  destruct (is_in_range lo id) eqn:El.
  - destruct (fill_if_empty_ok s2 p h up Hok') as (e & s' & -> & He & Hok2 & [G1 G2 G3 G4 G5 G6]); [by rewrite Hbk|].
    res_simpl. rewrite He. res_simpl. exists s', (m_next s), lo. rewrite G3, Hbk, G2, G4. unfold router_id, bad_of. rewrite G1, G2.
    split_and!; try done.
  - destruct (fill_if_empty_ok s2 p (m_next s) lo Hok') as (e & s' & -> & He & Hok2 & [G1 G2 G3 G4 G5 G6]); [by rewrite Hbk|].
    res_simpl. rewrite He. res_simpl. exists s', h, up. rewrite G3, Hbk, G2, G4. unfold router_id, bad_of. rewrite G1, G2.
    split_and!; try done. rewrite (halves_partition b lo up) by done. by rewrite El.
Qed.

Lemma pending_in_no_bucket s id n h b : router_ok s (Some id) -> m_nodes s !! id = Some n ->
  m_buckets s !! h = Some b -> id ∉ b_nodes b.
Proof.
  intros Hok Hn Hb Hin. destruct (bucket_nodes s h b (ok_buckets s _ Hok h b Hb) id Hin) as [_ (n' & Hn' & Hbk)].
  destruct (ok_nodes s _ Hok id n Hn) as [_ _ _ _ Hp]. rewrite Hn in Hn'. injection Hn' as <-.
  rewrite Hbk in Hp. by destruct Hp.
Qed.

(** Where the loop of [add_node_to_bucket] leaves the new node. *)
Definition room_made (s' : DhtRouter) (r : option nat) (id : bytes) (n : DhtNode) : Prop :=
  match r with
  | None => router_ok s' None /\ m_nodes s' !! id = None /\
      exists h b, m_buckets s' !! h = Some b /\ is_in_range b id = true /\ is_full b = true /\ own_bucket s' <> Some h /\
        Forall (not_bad (m_nodes s')) (b_nodes b)
  | Some h => router_ok s' (Some id) /\ m_nodes s' !! id = Some n /\
      exists b, m_buckets s' !! h = Some b /\ is_in_range b id = true /\ is_full b = false
  end.

(** The other nodes stay, but for one bad node that may go when the new one
    comes. *)
Definition others_stay (s s' : DhtRouter) (r : bool) (id : bytes) : Prop :=
  (forall i, i <> id -> bad_of s' i = bad_of s i) \/
  (r = true /\ exists c, c <> id /\ bad_of s c = Some true /\ bad_of s' c = None /\ forall i, i <> id -> i <> c -> bad_of s' i = bad_of s i).

Lemma make_room_ok now fuel : forall s h b w id n, router_ok s (Some id) -> m_nodes s !! id = Some n ->
  m_buckets s !! h = Some b -> is_in_range b id = true -> block w (m_begin b) (m_end b) ->
  w + 2 <= Z.of_nat fuel ->
  exists s' r, make_room random fuel now s h id = Ok (s', r) /\ room_made s' r id n /\
    router_id s' = router_id s /\ dom (m_nodes s') ⊆ dom (m_nodes s) /\
    zlen (m_routingTable s') <= zlen (m_routingTable s) + w /\ others_stay s s' (bool_decide (is_Some r)) id.
Proof.
  induction fuel as [|fuel IH]; intros s h b w id n Hok Hn Hb Hr Hw Hf;
    [destruct Hw as (_ & _ & _ & Hk & _); lia|]. assert (Hw0 : 0 <= w) by apply Hw.
  cbn [make_room]. rewrite Hb. res_simpl. destruct (is_full b) eqn:Efull;
    [|exists s, (Some h); split_and!; [done| |done|done|lia|by left]; split_and!; [done|done|by exists b]].
  destruct (bucket_range s _ h b Hok Hb) as (_ & _ & Hh1 & Hh2 & _).
  destruct (ok_nodes s _ Hok id n Hn) as [Hnid Hhash _ _ _].
  pose proof (pending_in_no_bucket s id n h b Hok Hn Hb) as Hni.
  pose proof (full_bucket_wide s _ h b w id Hok Hb Efull Hw Hh1 Hh2 Hhash Hni Hr) as H4.
  destruct (candidate_ok s _ h b Hok Hb Efull) as (c & nc & -> & Hc & Hnc & Hbc & Hall). res_simpl.
  rewrite Hnc. res_simpl. destruct (is_bad nc) eqn:Ebad.
  - destruct (delete_settled_ok s _ c nc h b Hok Hnc Hbc Hb) as (s1 & b1 & -> & Hok1 & HN & HB & Hsk & Hlen & Hse & Htab).
    res_simpl. assert (Hb1 : m_buckets s1 !! h = Some b1) by (rewrite HB; by rewrite lookup_insert_eq).
    destruct fuel as [|fuel]; [lia|]. cbn [make_room]. rewrite Hb1. res_simpl.
    assert (Hnf : is_full b1 = false).
    { pose proof (bucket_size s h b (ok_buckets s _ Hok h b Hb)). unfold is_full, DhtBucket.num_nodes.
      apply Nat.leb_gt. lia. }
    rewrite Hnf. exists s1, (Some h). split_and!; [done| |unfold router_id; by rewrite Hse|rewrite HN; set_solver|rewrite Htab; lia|].
    2: { right. split; [done|]. exists c. unfold bad_of. rewrite HN, Hnc, lookup_delete_eq. cbn. rewrite Ebad. split_and!; try done.
         - intros ->. done.
         - intros i _ Hic. by rewrite lookup_delete_ne. }
    split_and!; [done| |].
    + rewrite HN. rewrite lookup_delete_ne; [done|]. intros ->. done.
    + exists b1. injection Hsk as _ _ S1 S2. split_and!; [done| |done]. unfold is_in_range in *. by rewrite S1, S2.
  - case_bool_decide as Hown; cbn [negb].
    + destruct (split_bucket_ok now s _ h b w id Hok (eq_sym Hown) Hb Hw ltac:(lia) Hhash Hr)
        as (s1 & h1 & b1 & -> & Hok1 & Hb1 & Hr1 & Hw1 & Hid1 & Hdom & Hkeep & Htab & Hbads). res_simpl.
      destruct (IH s1 h1 b1 (w - 1) id n Hok1) as (s' & r & Hm & Hroom & Hid' & Hd' & Htab' & Hoth); try done; [by apply Hkeep|lia|].
      exists s', r. split_and!; [done|done|congruence|by rewrite <- Hdom|unfold zlen in *; lia|].
      unfold others_stay in *. setoid_rewrite Hbads in Hoth. exact Hoth.
    + destruct (delete_pending_ok s id n Hok Hn) as [-> Hok1]. res_simpl. eexists _, None.
      split_and!; [done| |done|cbn; set_solver|cbn; lia|].
      * split; [done|]. split; [cbn; by rewrite lookup_delete_eq|]. exists h, b. split_and!; try done; try congruence.
        specialize (Hall eq_refl). rewrite Forall_forall in Hall |- *. intros i Hi. specialize (Hall i Hi).
        unfold not_bad, node_is in *. cbn. rewrite lookup_delete_ne; [done|]. by intros ->.
      * left. intros i Hi. unfold bad_of. cbn. by rewrite lookup_delete_ne.
Qed.

Lemma add_node_bucket_ok now nodes b id n : nodes !! id = Some n ->
  exists b', DhtBucket.add_node now nodes b id = Ok b' /\ b_nodes b' = b_nodes b ++ [id] /\
    skeleton b' = skeleton b /\ m_fullCacheLength b' = 0%nat.
Proof.
  intros Hn. unfold DhtBucket.add_node, DhtBucket.get_node. rewrite Hn. res_simpl.
  eexists. split; [done|]. destruct (is_good n), (is_bad n); done.
Qed.

(** The node finds its place in a bucket with room. *)
Lemma settle_ok now s h b id n : router_ok s (Some id) -> m_nodes s !! id = Some n ->
  m_buckets s !! h = Some b -> is_in_range b id = true -> is_full b = false ->
  exists b', DhtBucket.add_node now (m_nodes s) b id = Ok b' /\
    router_ok (set_node_at (set_bucket_at s h b') id (DhtNode.set_bucket n (Some h))) None.
Proof.
  intros Hok Hn Hb Hr Hf. destruct (add_node_bucket_ok now (m_nodes s) b id n Hn) as (b' & Ha & Hno & Hsk & Hca).
  exists b'. split; [done|]. pose proof (pending_in_no_bucket s id n h b Hok Hn Hb) as Hni.
  unfold is_full, DhtBucket.num_nodes in Hf. apply Nat.leb_gt in Hf.
  assert (Hss : same_skeleton (m_buckets s) (<[h := b']> (m_buckets s))) by by apply (same_skeleton_insert _ h b).
  pose proof Hok as [H1 H2 H3 [ch Hch] H5 H6 (own & ob & Ho & Hob & Hor) H8]. constructor; try done.
  - by eapply covers_skeleton.
  - exists ch. by eapply chain_ok_frame.
  - intros i m. cbn. intros Hm. apply lookup_insert_Some in Hm as [[<- <-]|[Hne Hm]].
    + destruct (H5 id n Hn) as [N1 N2 N3 N4 _]. constructor; try done. cbn. split; [done|].
      exists b'. rewrite lookup_insert_eq, Hno. split; [done|]. set_solver.
    + destruct (H5 i m Hm) as [N1 N2 N3 N4 N5]. constructor; try done. cbn.
      destruct (DhtNode.m_bucket m) as [g|]; [|congruence]. destruct N5 as (_ & bg & Hbg & Hig). split; [done|].
      destruct (decide (h = g)) as [<-|Hhg].
      * exists b'. rewrite lookup_insert_eq, Hno. rewrite Hb in Hbg. injection Hbg as <-. split; [done|]. set_solver.
      * exists bg. by rewrite lookup_insert_ne.
  - intros g bg. cbn. intros Hg. apply lookup_insert_Some in Hg as [[<- <-]|[Hgh Hg]].
    + destruct (H6 h b Hb) as [B1 B2 B3 B4]. constructor; cbn; rewrite ?Hno.
      * apply NoDup_app. split_and!; [done| |apply NoDup_singleton]. intros x Hx ->%list_elem_of_singleton. done.
      * rewrite length_app. simpl. lia.
      * injection Hsk as _ _ S1 S2. unfold is_in_range. rewrite S1, S2. intros i.
        intros [Hi| ->%list_elem_of_singleton]%elem_of_app.
        -- destruct (B3 i Hi) as [Hri (m & Hm & Hbm)]. split; [done|]. exists m.
           rewrite lookup_insert_ne; [done|]. by intros ->.
        -- split; [done|]. eexists. by rewrite lookup_insert_eq.
      * lia.
    + destruct (H6 g bg Hg) as [G1 G2 G3 G4]. constructor; try done. cbn. intros i Hi.
      destruct (G3 i Hi) as [Hri (m & Hm & Hbm)]. split; [done|]. exists m. split; [|done].
      rewrite lookup_insert_ne; [done|]. intros ->. by apply (pending_in_no_bucket s i n g bg Hok Hn Hg).
  - cbn. destruct (same_skeleton_lookup _ _ own ob Hss Hob) as (ob' & Hob' & Hsk').
    exists own, ob'. split_and!; [done|done|]. injection Hsk' as _ _ S1 S2.
    unfold is_in_range in *. by rewrite S1, S2.
Qed.

Lemma add_node_to_bucket_ok now s id n : router_ok s (Some id) -> m_nodes s !! id = Some n ->
  exists s' added, add_node_to_bucket random now s id = Ok (s', added) /\ router_ok s' None /\
    router_id s' = router_id s /\ dom (m_nodes s') ⊆ dom (m_nodes s) /\
    (if added : bool then exists n', m_nodes s' !! id = Some n' /\ m_socket_address n' = m_socket_address n
     else m_nodes s' !! id = None /\ exists h b, m_buckets s' !! h = Some b /\ is_in_range b id = true /\ is_full b = true /\
       own_bucket s' <> Some h /\ Forall (not_bad (m_nodes s')) (b_nodes b)) /\
    zlen (m_routingTable s') <= zlen (m_routingTable s) + 160 /\ others_stay s s' added id.
Proof.
  intros Hok Hn. destruct (ok_nodes s _ Hok id n Hn) as [_ Hhash _ _ _].
  destruct (find_bucket_ok s _ id Hok Hhash) as (h & b & k & Hf & _ & Hb & Hr).
  destruct (bucket_range s _ h b Hok Hb) as (w & Hw & _ & _ & Hmax).
  assert (Hfuel : w + 2 <= Z.of_nat split_fuel) by (unfold split_fuel; lia).
  unfold add_node_to_bucket. revert Hfuel. generalize split_fuel. intros fuel Hfuel.
  destruct (make_room_ok now fuel s h b w id n Hok Hn Hb Hr Hw Hfuel) as (s1 & r & Hm & Hroom & Hid & Hdom & Htab & Hoth).
  rewrite Hf. res_simpl. rewrite Hm. res_simpl. destruct r as [h1|].
  - destruct Hroom as (Hok1 & Hn1 & b1 & Hb1 & Hr1 & Hf1). rewrite Hb1. res_simpl.
    destruct (settle_ok now s1 h1 b1 id n Hok1 Hn1 Hb1 Hr1 Hf1) as (b2 & -> & Hok2). res_simpl.
    cbn [set_bucket_at with_world m_nodes]. rewrite Hn1. res_simpl. eexists _, true.
    split_and!; [done|done|done| | |cbn; lia|].
    + cbn. rewrite dom_insert_L. apply union_subseteq. split; [|done].
      apply singleton_subseteq_l, elem_of_dom. by exists n.
    + eexists. cbn. by rewrite lookup_insert_eq.
    + unfold others_stay, bad_of in *. cbn. destruct Hoth as [Hoth|(_ & c & Hc & Hc1 & Hc2 & Hoth)].
      * left. intros i Hi. rewrite lookup_insert_ne by done. by apply Hoth.
      * right. split; [done|]. exists c. rewrite lookup_insert_ne by done. split_and!; try done. intros i Hi Hic. rewrite lookup_insert_ne by done. by apply Hoth.
  - destruct Hroom as (Hok1 & Hno & Hfull). eexists _, false. split_and!; try done. lia.
Qed.

(** Where the new node is, or why it is not in the table: the bucket of its
    identifier, which is not the router's own, is full of nodes that are not
    bad. *)
Definition placed (s' : DhtRouter) (id : bytes) (added : bool) : Prop :=
  exists h b, find_bucket s' id = Ok h /\ m_buckets s' !! h = Some b /\
    if added then id ∈ b_nodes b /\ is_Some (m_nodes s' !! id)
    else m_nodes s' !! id = None /\ is_full b = true /\ own_bucket s' <> Some h /\ Forall (not_bad (m_nodes s')) (b_nodes b).

(** C26: adding a node to the table always ends, after at most 160 splits of
    the router's own bucket, without an exception, and the table stays valid.
    The node is in the bucket of its identifier, or it was discarded because
    that bucket is not the router's own and is full of nodes that are not bad.
    No other node is lost, except one bad node that may make room for the new
    one. *)
Theorem add_node_terminates now s id n :
  router_ok s (Some id) -> m_nodes s !! id = Some n ->
  exists s' added, add_node_to_bucket random now s id = Ok (s', added) /\ router_ok s' None /\
    placed s' id added /\ others_stay s s' added id /\ zlen (m_routingTable s') <= zlen (m_routingTable s) + 160.
Proof.
  intros Hok Hn. destruct (ok_nodes s _ Hok id n Hn) as [_ Hhash _ _ _].
  destruct (add_node_to_bucket_ok now s id n Hok Hn) as (s' & added & H1 & H2 & _ & _ & H3 & H4 & H5).
  exists s', added. split_and!; try done. destruct (find_bucket_unique s' id H2 Hhash) as (h & b & Hf & Hb & Hr & Hu).
  exists h, b. split_and!; try done. destruct added.
  - destruct H3 as (n' & Hn' & _). destruct (ok_nodes s' _ H2 id n' Hn') as [_ _ _ _ Hpl].
    destruct (DhtNode.m_bucket n') as [g|]; [|done]. destruct Hpl as (_ & bg & Hbg & Hin).
    assert (g = h) as ->.
    { apply (Hu g bg Hbg). by apply (bucket_nodes s' g bg (ok_buckets s' _ H2 g bg Hbg) id Hin). }
    rewrite Hb in Hbg. injection Hbg as <-. split; [done|by eexists].
  - destruct H3 as (Hno & g & bg & Hbg & Hrg & Hfull & Hown & Hall). assert (g = h) as -> by (by apply (Hu g bg)).
    rewrite Hb in Hbg. injection Hbg as <-. done.
Qed.

(** *** Every call of the server *)

Lemma insert_pending_ok s id n : router_ok s None -> m_nodes s !! id = None -> is_hash id ->
  n_id n = id -> (exists sin, m_socket_address n = AF_INET sin) -> 0 <= m_last_seen n < 2 ^ 32 - 1 ->
  DhtNode.m_bucket n = None -> router_ok (set_node_at s id n) (Some id).
Proof.
  intros [H1 H2 H3 [ch Hch] H5 H6 H7 H8] Hno Hid Hni Had Hse Hbk. constructor; try done.
  - exists ch. by eapply chain_ok_frame.
  - intros i m. cbn. intros Hm. apply lookup_insert_Some in Hm as [[<- <-]|[Hne Hm]].
    + constructor; try done. by rewrite Hbk.
    + destruct (H5 i m Hm) as [N1 N2 N3 N4 N5]. constructor; try done.
      destruct (DhtNode.m_bucket m) as [g|]; [|congruence]. destruct N5 as [_ N5]. split; [congruence|done].
  - intros h b Hb. destruct (H6 h b Hb) as [B1 B2 B3 B4]. constructor; try done. cbn.
    intros i Hi. destruct (B3 i Hi) as [Hr (m & Hm & Hbm)]. split; [done|]. exists m. split; [|done].
    rewrite lookup_insert_ne; [done|]. intros ->. congruence.
Qed.

Lemma want_node_ok s p id : router_ok s p -> is_hash id -> exists w, want_node s id = Ok w.
Proof.
  intros Hok Hid. unfold want_node. destruct (_ || _); [by eexists|].
  destruct (find_bucket_ok s p id Hok Hid) as (h & b & k & -> & _ & Hb & _). res_simpl.
  case_bool_decide; [by eexists|]. rewrite Hb. by eexists.
Qed.

Lemma inet_equal_addr a b : sa_equal_addr (AF_INET a) (AF_INET b) = Ok (sin_equal_addr a b).
Proof. done. Qed.

Lemma touch_bucket_ok now s p q n : router_ok s p -> settled s q n ->
  exists s', touch_bucket now s q = Ok s' /\ router_ok s' p /\ settled s' q n.
Proof.
  intros Hok Hset. unfold touch_bucket. destruct Hset as [Hn Hb] eqn:E. rewrite Hn. res_simpl.
  destruct (change_bucket_ok s p q n (touch now) Hok (conj Hn Hb)) as (s' & H1 & H2 & H3 & _); [done|]. by exists s'.
Qed.

Lemma get_node_settled s q id : router_ok s None -> get_node s id = Some q ->
  exists n sin, settled s q n /\ m_socket_address n = AF_INET sin.
Proof.
  intros Hok. unfold get_node. destruct (m_nodes s !! id) as [n|] eqn:E.
  - intros [= <-]. destruct (node_addr s None id n (ok_nodes s None Hok id n E)) as [sin Ha].
    exists n, sin. split; [by eapply settled_node|done].
  - case_match; intros [= <-]. destruct (ok_self s None Hok) as [sin Ha]. exists (m_self s), sin.
    split; [by eapply settled_self|done].
Qed.

Lemma reply_known_ok now s q n sin sin' : router_ok s None -> settled s q n -> clock_ok now ->
  m_socket_address n = AF_INET sin ->
  exists s' r, reply_known now s q (AF_INET sin') = Ok (s', r) /\ router_ok s' None.
Proof.
  intros Hok Hset Hnow Ha. unfold reply_known. pose proof Hset as [Hn _]. rewrite Hn. res_simpl.
  rewrite Ha, inet_equal_addr. res_simpl. case_bool; [by eexists _, _|].
  unfold replied. destruct (set_good_ok now s None q n Hok Hset Hnow) as (s1 & n1 & -> & Hok1 & Hset1 & _). res_simpl.
  destruct (touch_bucket_ok now s1 None q n1 Hok1 Hset1) as (s2 & -> & Hok2 & _). res_simpl. by eexists _, _.
Qed.

Lemma node_queried_ok now s id sin : router_ok s None -> is_hash id -> clock_ok now ->
  exists s' r, node_queried now s id (AF_INET sin) = Ok (s', r) /\ router_ok s' None.
Proof.
  intros Hok Hid Hnow. unfold node_queried. destruct (get_node s id) as [q|] eqn:Eq.
  - destruct (get_node_settled s q id Hok Eq) as (n & sin' & Hset & Ha). pose proof Hset as [Hn _].
    rewrite Hn. res_simpl. rewrite Ha, inet_equal_addr. res_simpl. case_bool; [by eexists _, _|].
    assert (exists s1 n1, queried now s q = Ok s1 /\ router_ok s1 None /\ settled s1 q n1)
      as (s1 & n1 & -> & Hok1 & Hset1).
    { unfold queried. rewrite Hn. res_simpl. case_bool; [|by exists s, n].
      destruct (set_good_ok now s None q n Hok Hset Hnow) as (s1 & n1 & ? & ? & ? & _). by exists s1, n1. }
    res_simpl. pose proof Hset1 as [Hn1 _]. rewrite Hn1. res_simpl. destruct (is_good n1).
    + destruct (touch_bucket_ok now s1 None q n1 Hok1 Hset1) as (s2 & -> & Hok2 & _). res_simpl. by eexists _, _.
    + res_simpl. by eexists _, _.
  - destruct (want_node_ok s None id Hok Hid) as [w ->]. res_simpl. eexists _, _. split; [done|].
    destruct w; [by apply emit_ok|done].
Qed.

Lemma node_replied_ok now s id sin : router_ok s None -> is_hash id -> clock_ok now ->
  exists s' r, node_replied random now s id (AF_INET sin) = Ok (s', r) /\ router_ok s' None.
Proof.
  intros Hok Hid Hnow. unfold node_replied. destruct (get_node s id) as [q|] eqn:Eq.
  - destruct (get_node_settled s q id Hok Eq) as (n & sin' & Hset & Ha). by eapply reply_known_ok.
  - destruct (want_node_ok s None id Hok Hid) as [w ->]. res_simpl. destruct w; cbn [negb]; [|by eexists _, _].
    unfold new_node, sa_copy. res_simpl. cbn [sa_copy_in].
    assert (Hno : m_nodes s !! id = None) by (unfold get_node in Eq; by destruct (m_nodes s !! id)).
    set (n := mkNode id (sa_copy_in sin) 0 false 0 None).
    assert (Hokp : router_ok (set_node_at s id n) (Some id)).
    { apply insert_pending_ok; try done. by exists sin. }
    destruct (add_node_to_bucket_ok now (set_node_at s id n) id n Hokp) as (s1 & added & Hadd & Hok1 & _ & _ & Hn1 & _).
    { cbn. by rewrite lookup_insert_eq. }
    rewrite Hadd. res_simpl. destruct added; cbn [negb]; [|by eexists _, _].
    destruct Hn1 as (n1 & Hn1 & Ha1). eapply reply_known_ok; [done|by eapply settled_node|done|by rewrite Ha1].
Qed.

Lemma node_delete_ok s id n : router_ok s None -> m_nodes s !! id = Some n ->
  exists s', delete_node s id = Ok s' /\ router_ok s' None /\ m_nodes s' = delete id (m_nodes s).
Proof.
  intros Hok Hn. destruct (settled_node s None id n Hok ltac:(done) Hn) as (_ & h & b & Hh & Hb).
  destruct (delete_settled_ok s None id n h b Hok Hn Hh Hb) as (s' & b' & H1 & H2 & H3 & _). by exists s'.
Qed.

Lemma node_inactive_ok now s id sin : router_ok s None ->
  exists s' r, node_inactive now s id (AF_INET sin) = Ok (s', r) /\ router_ok s' None.
Proof.
  intros Hok. unfold node_inactive. destruct (m_nodes s !! id) as [n|] eqn:En; [|by eexists _, _].
  destruct (node_addr s None id n (ok_nodes s None Hok id n En)) as [sin' ->]. rewrite inet_equal_addr. res_simpl.
  case_bool; [by eexists _, _|].
  destruct (inactive_ok s None id n Hok ltac:(done) En) as (s1 & n1 & -> & Hok1 & Hn1 & _). res_simpl.
  cbn [node_at]. rewrite Hn1. res_simpl. case_bool; [|by eexists _, _].
  destruct (node_delete_ok s1 id n1 Hok1 Hn1) as (s2 & -> & Hok2 & _). res_simpl. by eexists _, _.
Qed.

Lemma node_invalid_ok s id : router_ok s None ->
  exists s', node_invalid s id = Ok s' /\ router_ok s' None /\ m_nodes s' = delete id (m_nodes s).
Proof.
  intros Hok. unfold node_invalid, get_node. destruct (m_nodes s !! id) as [n|] eqn:En.
  - by apply (node_delete_ok s id n).
  - exists s. rewrite delete_id by done. by destruct (hash_eq id (router_id s)).
Qed.

Lemma chain_length s chain : chain_ok s chain -> (length chain <= base.size (m_buckets s))%nat.
Proof.
  intros [_ C2 _ C4 _ _]. rewrite <- size_dom. rewrite <- (size_list_to_set (C := gset nat) chain C2).
  apply subseteq_size. intros h Hh. apply elem_of_dom, C4. by rewrite elem_of_list_to_set in Hh.
Qed.

Lemma chain_nodes_inet s p chain : router_ok s p -> chain_ok s chain ->
  Forall (fun h => Forall (node_inet (m_nodes s)) (nodes_of (m_buckets s) h)) chain.
Proof.
  intros Hok Hch. apply Forall_forall. intros h Hh. unfold nodes_of.
  destruct (m_buckets s !! h) as [b|] eqn:Eb; [|constructor]. apply Forall_forall. intros id Hid.
  destruct (bucket_nodes s h b (ok_buckets s p Hok h b Eb) id Hid) as [_ (n & Hn & _)].
  destruct (ok_nodes s p Hok id n Hn) as [N1 N2 [sin N3] _ _]. exists n, sin. done.
Qed.

Lemma get_closest_nodes_ok s p id : router_ok s p -> is_hash id ->
  exists answer s', get_closest_nodes s id = Ok (answer, s') /\ router_ok s' p /\ (length answer <= 208)%nat.
Proof.
  intros Hok Hid. destruct (find_bucket_ok s p id Hok Hid) as (h & b & k & Hf & _ & Hb & _).
  unfold get_closest_nodes. rewrite Hf. res_simpl.
  destruct (m_fullCacheLength b =? 0)%nat eqn:Ec.
  - apply Nat.eqb_eq in Ec. destruct (ok_chain s p Hok) as [chain Hch].
    assert (Hin : h ∈ chain) by (apply (chain_dom s _ Hch); by exists b).
    apply list_elem_of_lookup in Hin as [i Hi].
    destruct (full_bucket_spec (m_nodes s) (m_buckets s) chain i h b (chain_linked s _ Hch) (chain_nodup s _ Hch)
      (chain_length s chain Hch) (chain_nodes_inet s p chain Hok Hch) Hi Hb Ec) as (B' & -> & Hlen & ->).
    res_simpl. eexists _, _. split; [done|]. split; [|done].
    by apply (set_bucket_at_ok s p h b).
  - unfold full_bucket, get_bucket. rewrite Hb. res_simpl. rewrite Ec. res_simpl. rewrite Hb. res_simpl.
    eexists _, _. split; [done|]. split.
    + apply (router_ok_core s); [done|]. by constructor.
    + rewrite length_take. pose proof (ok_cache_bound s p h b Hok Hb). lia.
Qed.

(** *** Timeouts *)

Lemma resolve_contacts_core n : forall s c, let '(s', c') := resolve_contacts n s c in
  same_core s s' /\ m_contacts s' = m_contacts s /\ m_numRefresh s' = m_numRefresh s.
Proof.
  induction n as [|n IH]; intros s c; cbn [resolve_contacts]; [by split; [constructor|]|].
  destruct (last c) as [[host port]|]; [|by split; [constructor|]].
  specialize (IH (emit s (ev_resolve host port)) (removelast c)). destruct (resolve_contacts _ _ _) as [s' c'].
  destruct IH as (H1 & H2 & H3). split; [|done]. eapply same_core_trans; [|done]. by constructor.
Qed.

Lemma ping_questionable_ok l : forall s, (forall id, id ∈ l -> is_Some (m_nodes s !! id)) ->
  exists s', ping_questionable s l = Ok s' /\ same_core s s' /\ m_contacts s' = m_contacts s /\ m_numRefresh s' = m_numRefresh s.
Proof.
  induction l as [|id l IH]; intros s Hl; cbn [ping_questionable]; [exists s; split_and!; try done; by constructor|].
  destruct (Hl id ltac:(left)) as [n Hn]. rewrite Hn. res_simpl.
  set (s1 := if negb (is_good n) then _ else s).
  assert (Hc1 : same_core s s1 /\ m_contacts s1 = m_contacts s /\ m_numRefresh s1 = m_numRefresh s)
    by (unfold s1; destruct (negb (is_good n)); (split; [by constructor|done])).
  destruct Hc1 as (Hc1 & Hc2 & Hc3).
  destruct (IH s1) as (s' & H1 & H2 & H3 & H4).
  { intros i Hi. rewrite (core_nodes s s1 Hc1). apply Hl. by right. }
  exists s'. split_and!; [done|by eapply same_core_trans|congruence|congruence].
Qed.

Lemma bootstrap_ok s c : router_ok s None -> m_contacts s = Some c ->
  exists s', bootstrap random s = Ok s' /\ router_ok s' None /\ is_Some (m_contacts s') /\ m_numRefresh s' = m_numRefresh s.
Proof.
  intros Hok Hc. unfold bootstrap. rewrite Hc. pose proof (resolve_contacts_core 8 s c) as Hr.
  destruct (resolve_contacts 8 s c) as [s1 c1]. destruct Hr as (Hcore1 & _ & Hnum1).
  set (s2 := with_contacts s1 (Some c1)).
  assert (Hcore2 : same_core s s2) by (eapply same_core_trans; [done|by constructor]).
  assert (Hok2 : router_ok s2 None) by by eapply router_ok_core.
  assert (Hnum2 : m_numRefresh s2 = m_numRefresh s) by done.
  case_decide; [by exists s2|].
  destruct (ok_own s2 None Hok2) as (own & ob & Ho & Hob & _). rewrite Ho. res_simpl.
  destruct (bootstrap_bucket_ok s2 None own ob Hok2 Hob) as (s3 & -> & Hok3 & Hcore3 & Hcon3 & Hnum3). res_simpl.
  rewrite (core_buckets _ _ Hcore3), Hob. res_simpl.
  destruct (ping_questionable_ok (b_nodes ob) s3) as (s4 & -> & Hcore4 & Hcon4 & Hnum4).
  { intros id Hid. rewrite (core_nodes _ _ Hcore3).
    destruct (bucket_nodes s2 own ob (ok_buckets s2 None Hok2 own ob Hob) id Hid) as [_ (n & Hn & _)]. by exists n. }
  res_simpl. assert (Hok4 : router_ok s4 None) by by eapply router_ok_core.
  assert (Hcon : is_Some (m_contacts s4)) by (rewrite Hcon4, Hcon3; by exists c1).
  assert (Hnum : m_numRefresh s4 = m_numRefresh s) by congruence.
  destruct (Nat.ltb_spec (length (m_routingTable s4)) 2); [by exists s4|].
  cbn [with_contact_id m_routingTable].
  assert (Hlt : (Z.to_nat (random (m_random s4) mod zlen (m_routingTable s4)) < length (m_routingTable s4))%nat).
  { unfold zlen. pose proof (Z.mod_pos_bound (random (m_random s4)) (Z.of_nat (length (m_routingTable s4)))). lia. }
  apply lookup_lt_is_Some in Hlt as [[k h] Hkh]. rewrite Hkh. res_simpl. cbn [snd].
  case_bool_decide.
  - eexists. split; [done|]. split; [|done]. by apply with_contact_id_ok.
  - assert (exists b, m_buckets s4 !! h = Some b) as [b Hb].
    { apply list_elem_of_lookup_2 in Hkh. destruct (covers_entry _ _ _ _ _ (ok_covers s4 None Hok4) Hkh) as (b & _ & Hb & _).
      by exists b. }
    destruct (bootstrap_bucket_ok (with_contact_id s4 (m_contactId s4) (S (m_random s4))) None h b)
      as (s5 & -> & Hok5 & Hcore5 & Hcon5 & Hnum5); [by apply with_contact_id_ok|done|].
    exists s5. split_and!; [done|done|by rewrite Hcon5|by rewrite Hnum5].
Qed.

Lemma update_nodes_ok now l : forall s, router_ok s None -> (forall id, id ∈ l -> is_Some (m_nodes s !! id)) ->
  exists s', update_nodes now s l = Ok s' /\ router_ok s' None /\ m_numRefresh s' = m_numRefresh s /\
    m_trackers s' = m_trackers s.
Proof.
  induction l as [|id l IH]; intros s Hok Hl; cbn [update_nodes]; [by exists s|].
  destruct (Hl id ltac:(left)) as [n Hn]. rewrite Hn. res_simpl.
  destruct (settled_node s None id n Hok ltac:(done) Hn) as (_ & h & b & Hh & _). rewrite Hh. res_simpl.
  set (s1 := set_node_at s id (DhtNode.update now n)).
  assert (Hok1 : router_ok s1 None).
  { apply (store_node_ok s None (ptr_node id) n); [done|cbn; by rewrite Hn|done|].
    by apply (ok_seen_bound s None id n). }
  set (s2 := if _ && _ then ping s1 _ _ else s1).
  assert (Hs2 : router_ok s2 None /\ m_nodes s2 = m_nodes s1 /\ m_numRefresh s2 = m_numRefresh s1 /\
    m_trackers s2 = m_trackers s1).
  { unfold s2. destruct (_ && _); [|done]. split; [by apply emit_ok|done]. }
  destruct Hs2 as (Hok2 & Hn2 & Hr2 & Ht2).
  destruct (IH s2 Hok2) as (s' & H1 & H2 & H3 & H4).
  { intros i Hi. rewrite Hn2. unfold s1. cbn. rewrite lookup_insert_is_Some.
    destruct (decide (id = i)); [by left|right; split; [done|]]. apply Hl. by right. }
  exists s'. split_and!; [done|done|by rewrite H3, Hr2|by rewrite H4, Ht2].
Qed.

Lemma update_buckets_ok now l : forall s, router_ok s None ->
  (forall e, e ∈ l -> is_Some (m_buckets s !! e.2)) ->
  exists s', update_buckets random now s l = Ok s' /\ router_ok s' None /\ m_numRefresh s' = m_numRefresh s /\
    m_trackers s' = m_trackers s.
Proof.
  induction l as [|[k h] l IH]; intros s Hok Hl; cbn [update_buckets]; [by exists s|].
  destruct (Hl (k, h) ltac:(left)) as [b Hb]. cbn in Hb. rewrite Hb. res_simpl.
  destruct (bucket_count_ok (m_nodes s) b) as (g & d & Hc).
  { intros id Hid. destruct (bucket_nodes s h b (ok_buckets s None Hok h b Hb) id Hid) as [_ (n & Hn & _)]. by exists n. }
  unfold bucket_update. rewrite Hc. res_simpl.
  set (b1 := with_cache (with_counts b g d) 0 _).
  assert (Hok1 : router_ok (set_bucket_at s h b1) None)
    by (apply (set_bucket_at_ok s None h b); [done|done|done|cbn; lia]).
  assert (exists s2, (if negb (is_full b1) || bool_decide (Some h = own_bucket (set_bucket_at s h b1)) ||
      (timeout_bucket_bootstrap <? bucket_age now b1) then bootstrap_bucket random (set_bucket_at s h b1) h
      else Ok (set_bucket_at s h b1)) = Ok s2 /\ router_ok s2 None /\ same_core (set_bucket_at s h b1) s2 /\
      m_numRefresh s2 = m_numRefresh s) as (s2 & -> & Hok2 & Hcore2 & Hnum2).
  { case_match; [|eexists; split_and!; [done|done|by constructor|done]].
    destruct (bootstrap_bucket_ok (set_bucket_at s h b1) None h b1 Hok1) as (s2 & ? & ? & ? & _ & ?);
      [cbn; by rewrite lookup_insert_eq|]. by exists s2. }
  res_simpl. destruct (IH s2 Hok2) as (s' & H1 & H2 & H3 & H4).
  { intros e He. rewrite (core_buckets _ _ Hcore2). cbn. rewrite lookup_insert_is_Some.
    destruct (decide (h = e.2)); [by left|right; split; [done|]]. apply Hl. by right. }
  exists s'. split_and!; [done|done|by rewrite H3|]. rewrite H4, (core_trackers _ _ Hcore2). done.
Qed.

Lemma prune_trackers_ok now l : Forall (fun e => tracker_ok e.2) l ->
  exists m, prune_trackers now l = Ok m /\
    forall hash t, m !! hash = Some t -> tracker_ok t /\ tracker_empty t = false.
Proof.
  induction l as [|[hash t] l IH]; intros Hl; cbn [prune_trackers]; [by exists ∅|].
  apply Forall_cons in Hl as [Ht Hl]. destruct (IH Hl) as (m & Hm & Hall).
  assert (Hp : exists t', prune now t timeout_peer_announce = Ok t' /\ tracker_ok t').
  { by apply prune_ok. }
  destruct Hp as (t' & -> & Ht'). res_simpl. rewrite Hm. res_simpl. eexists. split; [done|].
  intros h x. destruct (tracker_empty t') eqn:Ee; [apply Hall|].
  intros [[<- <-]|[_ Hx]]%lookup_insert_Some; [done|by apply (Hall h)].
Qed.

Lemma receive_timeout_ok now s : router_ok s None -> m_numRefresh s <> 2 ^ 31 - 1 ->
  exists s', receive_timeout random now s = Ok s' /\ router_ok s' None.
Proof.
  intros Hok Hnum. unfold receive_timeout.
  set (s1 := with_tokens _ _ _ _).
  assert (Hok1 : router_ok s1 None) by (apply (router_ok_core s); [done|by constructor]).
  destruct (update_nodes_ok now (map_to_list (m_nodes s1)).*1 s1 Hok1) as (s2 & -> & Hok2 & Hnum2 & Htr2).
  { intros id Hid. apply list_elem_of_fmap in Hid as ([i n] & -> & Hin). apply elem_of_map_to_list in Hin. by exists n. }
  res_simpl. destruct (update_buckets_ok now (m_routingTable s2) s2 Hok2) as (s3 & -> & Hok3 & Hnum3 & Htr3).
  { intros [k h] He. destruct (covers_entry _ _ _ _ _ (ok_covers s2 None Hok2) He) as (b & _ & Hb & _). by exists b. }
  res_simpl. destruct (prune_trackers_ok now (map_to_list (m_trackers s3))) as (m & -> & Hm).
  { apply Forall_forall. intros [hash t] He. apply elem_of_map_to_list in He. by apply (ok_trackers s3 None Hok3 hash). }
  res_simpl. cbn [emit with_trackers m_numRefresh].
  rewrite (proj2 (Z.eqb_neq (m_numRefresh s3) (2 ^ 31 - 1))) by (rewrite Hnum3, Hnum2; done). res_simpl.
  eexists. split; [done|]. apply (router_ok_frame s3); [done|by constructor| | |].
  - intros h b Hb. by apply (ok_cache_bound s3 None h b).
  - intros id n Hn. by apply (ok_seen_bound s3 None id n).
  - intros hash t Ht. by apply (Hm hash).
Qed.

(** While fewer than 32 nodes are known there is a list of contacts. *)
Definition may_bootstrap (s : DhtRouter) : Prop :=
  (num_bootstrap_complete <= base.size (m_nodes s))%nat \/ is_Some (m_contacts s).

Lemma receive_timeout_bootstrap_ok now s : router_ok s None -> may_bootstrap s -> m_numRefresh s <> 2 ^ 31 - 1 ->
  exists s', receive_timeout_bootstrap random now s = Ok s' /\ router_ok s' None.
Proof.
  intros Hok Hmay Hnum. unfold receive_timeout_bootstrap.
  destruct (Nat.ltb_spec (base.size (m_nodes s)) num_bootstrap_complete).
  - destruct Hmay as [?|[c Hc]]; [lia|]. rewrite Hc.
    assert (exists s1, (if negb (bool_decide (m_nodes s = ∅)) || negb (bool_decide (c = [])) then bootstrap random s else Ok s)
      = Ok s1 /\ router_ok s1 None) as (s1 & -> & Hok1).
    { case_match; [|by exists s]. destruct (bootstrap_ok s c Hok Hc) as (s1 & ? & ? & _). by exists s1. }
    res_simpl. eexists. split; [done|]. apply (router_ok_core s1); [done|by constructor].
  - set (s1 := with_slot _ _). assert (Hok1 : router_ok s1 None) by (apply (router_ok_core s); [done|by constructor]).
    assert (exists s2, (if m_numRefresh s1 =? 0 then receive_timeout random now s1 else Ok (emit s1 (ev_wait timeout_update)))
      = Ok s2 /\ router_ok s2 None) as (s2 & -> & Hok2).
    { case_match; [by apply receive_timeout_ok|]. eexists. split; [done|by apply emit_ok]. }
    res_simpl. eexists. split; [done|]. apply (router_ok_core s2); [done|by constructor].
Qed.

Lemma contact_ok s sa port : router_ok s None -> is_inet sa ->
  exists s', contact s (Some sa) port = Ok s' /\ router_ok s' None.
Proof.
  intros Hok Ha. unfold contact. destruct (m_active s); cbn [negb]; [|by exists s].
  assert (exists r, sa_copy_unmapped (Some sa) = Ok r /\ is_inet r) as (r & -> & Hr).
  { destruct sa as [|x|x| |]; try done; cbn [sa_copy_unmapped].
    - by eexists.
    - destruct (sin6_is_v4mapped (Some x)) eqn:Em; [|by eexists].
      destruct (to_from_v4mapped x Ha Em) as (y & Hy & Hi & _). unfold sa_from_v4mapped_in6. rewrite Hy. by eexists. }
  res_simpl. destruct r as [|x|x| |]; try done; cbn [sa_is_inet_inet6 sa_is_inet negb]; res_simpl; [|by exists s].
  case_match; [by exists s|]. cbn [sa_set_port]. res_simpl. eexists. split; [done|by apply emit_ok].
Qed.

(** What the server, the scheduler and the trackers call. *)
Inductive dht_call :=
  | call_queried (id : bytes) (sin : sockaddr_in)
  | call_replied (id : bytes) (sin : sockaddr_in)
  | call_inactive (id : bytes) (sin : sockaddr_in)
  | call_invalid (id : bytes)
  | call_closest (id : bytes)
  | call_announce (id : bytes)
  | call_tracker (hash : bytes) (create : bool)
  | call_contact (sa : sockaddr) (port : Z)
  | call_timeout
  | call_timeout_bootstrap
  | call_start (port : Z)
  | call_stop
  | call_cancel_announce (id : bytes)
  | call_bootstrap_contact (host : bytes) (port : Z).

Definition call_ok (s : DhtRouter) (c : dht_call) : Prop :=
  match c with
  | call_queried id _ | call_replied id _ | call_closest id | call_announce id => is_hash id
  | call_contact sa _ => is_inet sa
  | call_timeout | call_timeout_bootstrap => m_numRefresh s <> 2 ^ 31 - 1
  | call_start _ => m_active s = false
  | _ => True
  end.

Definition run_call (now : Z) (s : DhtRouter) (c : dht_call) : res DhtRouter :=
  match c with
  | call_queried id sin => r ← node_queried now s id (AF_INET sin); Ok (fst r)
  | call_replied id sin => r ← node_replied random now s id (AF_INET sin); Ok (fst r)
  | call_inactive id sin => r ← node_inactive now s id (AF_INET sin); Ok (fst r)
  | call_invalid id => node_invalid s id
  | call_closest id => r ← get_closest_nodes s id; Ok (snd r)
  | call_announce id => announce s id
  | call_tracker hash create => Ok (fst (get_tracker s hash create))
  | call_contact sa port => contact s (Some sa) port
  | call_timeout => receive_timeout random now s
  | call_timeout_bootstrap => receive_timeout_bootstrap random now s
  | call_start port => Ok (start s port)
  | call_stop => Ok (stop s)
  | call_cancel_announce id => Ok (cancel_announce s id)
  | call_bootstrap_contact host port => Ok (add_bootstrap_contact s host port)
  end.

(** The one exception: the timeout of the bootstrap, when fewer than 32 nodes
    are known and the list of contacts was given up. *)
Definition without_contacts (s : DhtRouter) (c : dht_call) : bool :=
  match c with
  | call_timeout_bootstrap => (base.size (m_nodes s) <? num_bootstrap_complete)%nat && bool_decide (m_contacts s = None)
  | _ => false
  end.

Lemma get_tracker_ok s hash create : router_ok s None -> router_ok (fst (get_tracker s hash create)) None.
Proof.
  intros Hok. unfold get_tracker. destruct (m_trackers s !! hash); [done|]. destruct create; [|done].
  apply (router_ok_frame s); [done|by constructor| | |]; cbn.
  - intros h b Hb. by apply (ok_cache_bound s None h b).
  - intros id n Hn. by apply (ok_seen_bound s None id n).
  - intros h t. intros [[<- <-]|[_ Ht]]%lookup_insert_Some; [|by apply (ok_trackers s None Hok h)].
    unfold tracker_ok, tracker_size, max_size. cbn. split_and!; [done|lia|constructor..].
Qed.


(** A router that is restarted after its nodes have dwindled, long after it
    forgot the contacts, throws from its first timeout. *)
Theorem restart_without_contacts_throws now s port :
  (base.size (m_nodes s) < num_bootstrap_complete)%nat -> m_contacts s = None ->
  receive_timeout_bootstrap random now (start (stop s) port) = Throw internal_error.
Proof.
  intros Hn Hc. unfold receive_timeout_bootstrap.
  assert (E : m_nodes (start (stop s) port) = m_nodes s /\ m_contacts (start (stop s) port) = m_contacts s)
    by (unfold stop; by destruct (m_active s)).
  destruct E as [-> ->]. rewrite (proj2 (Nat.ltb_lt _ _) Hn), Hc. done.
Qed.

(** *** Construction from the cache *)

(** The outcome of reading a cache: a result, or [bencode_error]. *)
Definition fine {A} (P : A -> Prop) (r : res A) : Prop :=
  match r with Ok a => P a | Throw e => e = bencode_error | UB => False end.

Lemma fine_bind {A B} (P : A -> Prop) (Q : B -> Prop) (m : res A) (f : A -> res B) :
  fine P m -> (forall a, m = Ok a -> P a -> fine Q (f a)) -> fine Q (m ≫= f).
Proof. destruct m; cbn; auto. Qed.

Lemma fine_throw_when b : fine (fun _ => b = false) (throw_when b bencode_error).
Proof. by destruct b. Qed.

Lemma fine_as_string o : fine (fun _ => True) (Object.as_string o).
Proof. by destruct o. Qed.
Lemma fine_as_value o : fine (fun _ => True) (Object.as_value o).
Proof. by destruct o. Qed.
Lemma fine_as_list o : fine (fun _ => True) (Object.as_list o).
Proof. by destruct o. Qed.
Lemma fine_as_map o : fine (fun _ => True) (Object.as_map o).
Proof. by destruct o. Qed.
Lemma fine_has_key o k : fine (fun _ => True) (Object.has_key o k).
Proof. unfold Object.has_key. destruct o; by cbn. Qed.
Lemma fine_get_key o k : fine (fun _ => True) (Object.get_key o k).
Proof. unfold Object.get_key. destruct o; cbn; try done. by destruct (Object.map_find k m). Qed.

Lemma fine_get_key_value o k : fine (fun _ => True) (get_key_value o k).
Proof. eapply fine_bind; [apply fine_get_key|]. intros. apply fine_as_value. Qed.

(** What a cache must not contain: two nodes of one identifier, bytes out of
    range, a time stamp of all ones, or a contact without host and port. *)
Record cache_ok (cache : Object.Object) : Prop := {
  cache_self : forall o id, Object.get_key cache key_self_id = Ok o -> Object.as_string o = Ok id -> Forall is_u8 id;
  cache_nodes_ok : forall o l, Object.get_key cache key_nodes = Ok o -> Object.as_map o = Ok l ->
    NoDup l.*1 /\ Forall (fun e => Forall is_u8 e.1 /\
      forall t, get_key_value e.2 key_t = Ok t -> u32 t <> 2 ^ 32 - 1) l;
  cache_contacts_ok : forall o l, Object.get_key cache key_contacts = Ok o -> Object.as_list o = Ok l ->
    Forall (fun c => forall e, Object.as_list c = Ok e -> (2 <= length e)%nat) l
}.

Lemma new_cached_node_fine now id o : is_hash id -> (forall t, get_key_value o key_t = Ok t -> u32 t <> 2 ^ 32 - 1) ->
  fine (fun n => n_id n = id /\ (exists sin, m_socket_address n = AF_INET sin) /\
    0 <= m_last_seen n < 2 ^ 32 - 1 /\ DhtNode.m_bucket n = None) (new_cached_node now id o).
Proof.
  intros [Hl _] Ht. unfold new_cached_node.
  eapply fine_bind; [apply fine_get_key_value|]. intros t Ht' _.
  eapply fine_bind; [apply fine_get_key_value|]. intros i _ _.
  eapply fine_bind; [apply fine_get_key_value|]. intros p _ _. cbn. split_and!.
  - by rewrite take_ge by by rewrite Hl.
  - by eexists.
  - apply u32_range.
  - specialize (Ht t Ht'). pose proof (u32_range t). lia.
  - done.
Qed.

Lemma load_nodes_fine now l : forall s, router_ok s None -> NoDup l.*1 ->
  (forall id, id ∈ l.*1 -> m_nodes s !! id = None) ->
  Forall (fun e => Forall is_u8 e.1 /\ forall t, get_key_value e.2 key_t = Ok t -> u32 t <> 2 ^ 32 - 1) l ->
  fine (fun s' => router_ok s' None) (load_nodes random now s l).
Proof.
  induction l as [|[id o] l IH]; intros s Hok Hnd Hnew Hall; cbn [load_nodes]; [done|].
  rewrite fmap_cons in Hnd. apply NoDup_cons in Hnd as [Hid Hnd]. apply Forall_cons in Hall as [[Hb Ht] Hall].
  cbn in Hid, Hb, Ht. eapply fine_bind; [apply fine_throw_when|]. intros ? _ Hlen.
  apply negb_false_iff, Nat.eqb_eq in Hlen. assert (Hh : is_hash id) by by split.
  eapply fine_bind; [by apply new_cached_node_fine|]. intros n _ (N1 & N2 & N3 & N4).
  assert (Hno : m_nodes s !! id = None) by (apply Hnew; left).
  pose proof (insert_pending_ok s id n Hok Hno Hh N1 N2 N3 N4) as Hokp.
  destruct (add_node_to_bucket_ok now (set_node_at s id n) id n Hokp) as (s' & added & -> & Hok' & _ & Hdom & _).
  { cbn. by rewrite lookup_insert_eq. }
  cbn [mbind res_bind]. apply IH; [done|done| |done].
  intros i Hi. apply not_elem_of_dom. intros Hin%Hdom. cbn in Hin. rewrite dom_insert in Hin.
  apply elem_of_union in Hin as [->%elem_of_singleton|Hin]; [done|]. apply elem_of_dom in Hin as [m Hm].
  rewrite Hnew in Hm; [done|]. by right.
Qed.

Lemma load_contacts_fine l : Forall (fun c => forall e, Object.as_list c = Ok e -> (2 <= length e)%nat) l ->
  fine (fun _ => True) (load_contacts l).
Proof.
  induction l as [|o l IH]; intros Hl; cbn [load_contacts]; [done|]. apply Forall_cons in Hl as [Ho Hl].
  eapply (fine_bind (fun _ => True)); [|intros c _ _; eapply fine_bind; [by apply IH|done]].
  unfold load_contact. eapply fine_bind; [apply fine_as_list|]. intros e He _. specialize (Ho e He).
  destruct e as [|e0 [|e1 e]]; simpl in Ho; [lia..|]. cbn [list_lookup lookup of_deref mbind res_bind].
  eapply fine_bind; [apply fine_as_string|]. intros host _ _.
  eapply fine_bind; [apply fine_as_value|]. done.
Qed.

Section construct.
Variable sha1 : bytes -> bytes.
(** SHA-1 has twenty bytes. *)
Hypothesis sha1_hash : forall s, is_hash (sha1 s).

Lemma choose_id_fine cache rand : cache_ok cache ->
  fine (fun r => is_hash (fst r)) (choose_id random sha1 cache rand).
Proof.
  intros Hc. unfold choose_id. eapply fine_bind; [apply fine_has_key|]. intros k _ _. destruct k; [|apply sha1_hash].
  eapply (fine_bind (fun id => Forall is_u8 id)).
  { destruct (Object.get_key cache key_self_id) as [o| |] eqn:Eo; cbn;
      [|pose proof (fine_get_key cache key_self_id) as Hf; rewrite Eo in Hf; exact Hf
       |pose proof (fine_get_key cache key_self_id) as Hf; rewrite Eo in Hf; exact Hf].
    pose proof (fine_as_string o) as Hf. destruct (Object.as_string o) as [id| |] eqn:Es; [|done..].
    by apply (cache_self cache Hc o id). }
  intros id _ Hid. eapply fine_bind; [apply fine_throw_when|]. intros ? _ Hlen. apply negb_false_iff, Nat.eqb_eq in Hlen.
  by split.
Qed.

(** A router made from a cache is valid and can bootstrap, whatever the
    cache holds, or the cache is refused with a [bencode_error]. *)
Theorem new_router_valid now cache :
  cache_ok cache ->
  match new_router random sha1 now cache with
  | Ok s => router_ok s None /\ may_bootstrap s
  | Throw e => e = bencode_error
  | UB => False
  end.
Proof.
  intros Hc. change (fine (fun s => router_ok s None /\ may_bootstrap s) (new_router random sha1 now cache)).
  unfold new_router. eapply fine_bind; [by apply choose_id_fine|]. intros [id rand] _ Hid. cbn in Hid.
  eapply fine_bind; [apply fine_has_key|]. intros k _ _.
  eapply (fine_bind (fun s => router_ok s None)).
  { pose proof (empty_router_ok now id (s32 (random 0)) (s32 (random 1)) rand Hid) as He.
    destruct k; [|done].
    pose proof (fine_get_key cache key_nodes) as Hf1. destruct (Object.get_key cache key_nodes) as [o| |] eqn:Eo; [|done..].
    cbn [mbind res_bind]. pose proof (fine_as_map o) as Hf2. destruct (Object.as_map o) as [l| |] eqn:El; [|done..].
    cbn [mbind res_bind]. destruct (cache_nodes_ok cache Hc o l Eo El) as [Hnd Hall].
    apply load_nodes_fine; [done|done| |done]. intros i _. apply lookup_empty. }
  intros s _ Hok. destruct (Nat.ltb_spec (base.size (m_nodes s)) num_bootstrap_complete).
  - eapply fine_bind; [apply fine_has_key|]. intros kc _ _.
    eapply (fine_bind (fun _ => True)).
    { destruct kc; [|done].
      pose proof (fine_get_key cache key_contacts) as Hf1. destruct (Object.get_key cache key_contacts) as [o| |] eqn:Eo; [|done..].
      cbn [mbind res_bind]. pose proof (fine_as_list o) as Hf2. destruct (Object.as_list o) as [l| |] eqn:El; [|done..].
      cbn [mbind res_bind]. apply load_contacts_fine. by apply (cache_contacts_ok cache Hc o l). }
    intros c _ _. cbn. split; [|right; by exists c]. apply (router_ok_core s); [done|by constructor].
  - cbn. split; [done|by left].
Qed.

End construct.

Definition tokens (s : DhtRouter) : Z * Z := (m_curToken s, m_prevToken s).

Lemma bootstrap_bucket_tokens s h s' : bootstrap_bucket random s h = Ok s' -> tokens s' = tokens s.
Proof.
  unfold bootstrap_bucket. case_match; intros Hr; res_inv; [done|].
  case_bool_decide; res_inv; done.
Qed.

Lemma update_nodes_tokens now l : forall s s', update_nodes now s l = Ok s' -> tokens s' = tokens s.
Proof.
  induction l as [|id l IH]; intros s s' Hr; cbn [update_nodes] in Hr; res_inv; [done|].
  apply IH in Hr. rewrite Hr. by case_match.
Qed.

Lemma update_buckets_tokens now l : forall s s', update_buckets random now s l = Ok s' -> tokens s' = tokens s.
Proof.
  induction l as [|[k h] l IH]; intros s s' Hr; cbn [update_buckets] in Hr; res_inv; [done|].
  apply IH in Hr. rewrite Hr. case_match; res_inv; [|done].
  match goal with H : bootstrap_bucket _ _ _ = Ok _ |- _ => apply bootstrap_bucket_tokens in H; rewrite H end. done.
Qed.

Lemma receive_timeout_tokens now s s' : receive_timeout random now s = Ok s' ->
  m_prevToken s' = m_curToken s.
Proof.
  unfold receive_timeout. intros Hr. res_inv.
  match goal with H : update_nodes _ _ _ = Ok _ |- _ => apply update_nodes_tokens in H; injection H as _ H1 end.
  match goal with H : update_buckets _ _ _ _ = Ok _ |- _ => apply update_buckets_tokens in H; injection H as _ H2 end.
  cbn in *. congruence.
Qed.

(** A token is accepted from the address it was made for until the second
    change of the secret: now and after one round of the regular timeout. *)
Theorem token_valid_two_rounds sha1 now s s1 token sin :
  make_token sha1 s (Some (AF_INET sin)) = Ok token -> length token = size_token ->
  receive_timeout random now s = Ok s1 ->
  token_valid sha1 s token (Some (AF_INET sin)) = Ok true /\
  token_valid sha1 s1 token (Some (AF_INET sin)) = Ok true.
Proof.
  unfold make_token, generate_token. cbn [mbind res_bind]. intros [= Htok] Hlen Ht.
  apply receive_timeout_tokens in Ht. unfold token_valid, generate_token. rewrite Hlen, Nat.eqb_refl, Ht.
  cbn [negb mbind res_bind]. rewrite <- Htok. rewrite bool_decide_eq_true_2 by done. split; [done|].
  by case_bool_decide.
Qed.
End events.

(** ** Examples, on a little-endian host *)

#[local] Instance example_order : ByteOrder := true.

Definition example_random (n : nat) : Z := 1103515245 * Z.of_nat n + 12345.
Definition example_router : DhtRouter := empty_router 1000 (of_num (2 ^ 159 + 5)) 1 2 0.
Definition example_peer (i : Z) : bytes := of_num (2 ^ 159 + 2 ^ 80 + i).

(** The router after nine replies of nodes close to it. *)
Fixpoint nine_replies (n : nat) (s : DhtRouter) : res DhtRouter :=
  match n with
  | O => Ok s
  | S n =>
      r ← node_replied example_random 2000 s (example_peer (Z.of_nat n)) (AF_INET (mkSin 16777343 80));
      nine_replies n (fst r)
  end.

(** Nine nodes that share 79 bits with the router split its bucket until the
    router is apart from them; then the ninth does not fit. *)
Example nine_replies_split :
  (fun s => (length (m_routingTable s), base.size (m_nodes s))) <$>
    match nine_replies 9 example_router with Ok s => Some s | _ => None end = Some (81%nat, 8%nat).
Proof. vm_compute. done. Qed.

Lemma example_router_ok : router_ok example_router None.
Proof. apply empty_router_ok, of_num_hash. Qed.

Definition example_new : DhtNode := mkNode (example_peer 1) (AF_INET (mkSin 16777343 80)) 0 false 0 None.

Lemma add_node_terminates_witness :
  exists s' added, add_node_to_bucket example_random 2000
      (set_node_at example_router (example_peer 1) example_new) (example_peer 1) = Ok (s', added) /\ added = true.
Proof.
  destruct (add_node_terminates example_random 2000
    (set_node_at example_router (example_peer 1) example_new) (example_peer 1) example_new) as (s' & added & Ha & _).
  - apply insert_pending_ok; [apply example_router_ok|done|apply of_num_hash|done|by eexists|cbn; lia|done].
  - reflexivity.
  - exists s', added. split; [exact Ha|]. vm_compute in Ha. by injection Ha as _ <-.
Defined.

Lemma find_bucket_unique_witness :
  exists h b, find_bucket example_router (example_peer 1) = Ok h /\ m_buckets example_router !! h = Some b.
Proof.
  destruct (find_bucket_unique example_router (example_peer 1) example_router_ok (of_num_hash _)) as (h & b & H1 & H2 & _).
  by exists h, b.
Defined.


Definition example_cache : Object.Object :=
  Object.TYPE_MAP 0 [(key_nodes, Object.TYPE_MAP 0
    [(example_peer 1, Object.TYPE_MAP 0 [(key_i, Object.TYPE_VALUE 0 2130706433); (key_p, Object.TYPE_VALUE 0 6881);
       (key_t, Object.TYPE_VALUE 0 1500)])])].

Lemma new_router_valid_witness :
  match new_router example_random (fun _ => of_num 7) 2000 example_cache with
  | Ok s => router_ok s None /\ may_bootstrap s /\ base.size (m_nodes s) = 1%nat
  | _ => False
  end.
Proof.
  pose proof (new_router_valid example_random (fun _ => of_num 7) (fun _ => of_num_hash 7) 2000 example_cache) as Hv.
  destruct (new_router example_random (fun _ => of_num 7) 2000 example_cache) as [s|e|] eqn:E.
  - destruct Hv as [H1 H2].
    + constructor.
      * done.
      * intros o l Ho Hl. vm_compute in Ho. injection Ho as <-. vm_compute in Hl. injection Hl as <-.
        split; [apply NoDup_singleton|]. constructor; [|constructor]. split.
        -- apply (of_num_hash (2 ^ 159 + 2 ^ 80 + 1)).
        -- intros t Ht. vm_compute in Ht. injection Ht as <-. by vm_compute.
      * intros o l Ho. vm_compute in Ho. done.
    + split_and!; [done|done|]. vm_compute in E. injection E as <-. by vm_compute.
  - vm_compute in E. done.
  - vm_compute in E. done.
Defined.

Lemma token_valid_two_rounds_witness :
  token_valid (fun _ => of_num 7) example_router (replicate 8 0) (Some (AF_INET (mkSin 16777343 80))) = Ok true.
Proof.
  destruct (receive_timeout example_random 2000 example_router) as [s1|e|] eqn:E;
    [|vm_compute in E; discriminate E..].
  destruct (token_valid_two_rounds example_random (fun _ => of_num 7) 2000 example_router s1
    (replicate 8 0) (mkSin 16777343 80)) as [Ht _].
  - by vm_compute.
  - done.
  - exact E.
  - exact Ht.
Defined.

(** A node that failed five times within fifteen minutes of its last reply is
    good and bad at once after an update: it is counted twice, and when it
    replies again the bucket keeps counting a bad node. *)
Definition flaky_steps : res (Z * Z) :=
  let id := example_peer 1 in let sa := AF_INET (mkSin 16777343 80) in
  r ← node_replied example_random 2000 example_router id sa;
  r ← node_inactive 2100 (fst r) id sa;
  r ← node_inactive 2110 (fst r) id sa;
  r ← node_inactive 2120 (fst r) id sa;
  r ← node_inactive 2130 (fst r) id sa;
  r ← node_inactive 2140 (fst r) id sa;
  s ← receive_timeout example_random 2200 (fst r);
  r ← node_replied example_random 2300 s id sa;
  b ← of_deref (m_buckets (fst r) !! 0%nat);
  Ok (m_good b, m_bad b).

Example flaky_node_counted_twice : flaky_steps = Ok (1, 1).
Proof. vm_compute. done. Qed.

(** A contact of the cache without host and port makes the constructor read
    past the end of its list. *)
Example short_contact_past_end : load_contacts [Object.TYPE_LIST 0 []] = UB.
Proof. done. Qed.
End DhtRouter.
