(* ===== verification/DhtSearch.v ===== *)
(** * Searches of the DHT (src/dht/transactions/dht_search.cc, dht_announce.cc,
      src/dht/dht_transaction.cc, and the part of src/dht/dht_server.cc that
      drives them)

    Module [DhtSearch]: the nodes a search knows, the closest to its target
    first, and which of them is asked next.  Module [DhtTransaction]: a query
    that is under way.  Module [SearchActivity]: a search with its queries, as
    the server drives it through replies, timeouts and errors.

    A pointer or iterator to a node of a search is the node's identifier;
    following one that is not there is undefined.  Whether the table of
    transactions has a free number for a node is a parameter. *)

From S2P Require Import Prelude Object Bencode ProtocolBase SocketAddress Dht.

Module DhtSearch.
Import SocketAddress HashString DhtNode DhtBucket.

Definition max_contacts : Z := 18.
Definition max_announce : Z := 3.

(** The loop over the bytes of [is_closer]. *)
Fixpoint is_closer (one two target : bytes) : bool :=
  match one, two, target with
  | x :: one, y :: two, z :: target =>
      if negb (x =? y) then u8 (Z.lxor x z) <? u8 (Z.lxor y z) else is_closer one two target
  | _, _, _ => false
  end.

Record DhtSearch := mkSearch {
  m_target : bytes;
  is_announce : bool;
  s_nodes : list DhtNode;
  m_pending : Z;
  m_contacted : Z;
  m_replied : Z;
  m_concurrency : Z;
  m_restart : bool;
  m_started : bool;
  m_next : option bytes
}.

Definition new_search (announce : bool) (target : bytes) : DhtSearch :=
  mkSearch target announce [] 0 0 0 3 false false None.

Definition with_nodes (s : DhtSearch) (l : list DhtNode) : DhtSearch :=
  mkSearch (m_target s) (is_announce s) l (m_pending s) (m_contacted s) (m_replied s) (m_concurrency s) (m_restart s)
    (m_started s) (m_next s).
Definition with_counts (s : DhtSearch) (pending contacted replied : Z) : DhtSearch :=
  mkSearch (m_target s) (is_announce s) (s_nodes s) pending contacted replied (m_concurrency s) (m_restart s)
    (m_started s) (m_next s).
Definition with_concurrency (s : DhtSearch) (c : Z) : DhtSearch :=
  mkSearch (m_target s) (is_announce s) (s_nodes s) (m_pending s) (m_contacted s) (m_replied s) c (m_restart s)
    (m_started s) (m_next s).
Definition with_restart (s : DhtSearch) (b : bool) : DhtSearch :=
  mkSearch (m_target s) (is_announce s) (s_nodes s) (m_pending s) (m_contacted s) (m_replied s) (m_concurrency s) b
    (m_started s) (m_next s).
Definition with_next (s : DhtSearch) (n : option bytes) : DhtSearch :=
  mkSearch (m_target s) (is_announce s) (s_nodes s) (m_pending s) (m_contacted s) (m_replied s) (m_concurrency s) (m_restart s)
    (m_started s) n.

(** [start] and [complete]. *)
Definition start (s : DhtSearch) : bool * DhtSearch :=
  (negb (m_pending s =? 0),
   mkSearch (m_target s) (is_announce s) (s_nodes s) (m_pending s) (m_contacted s) (m_replied s) (m_concurrency s) (m_restart s)
     true (m_next s)).
Definition complete (s : DhtSearch) : bool := m_started s && (m_pending s =? 0).

(** The node of an iterator. *)
Fixpoint node_of (id : bytes) (l : list DhtNode) : option DhtNode :=
  match l with
  | [] => None
  | n :: l => if bool_decide (n_id n = id) then Some n else node_of id l
  end.
Definition change_node (id : bytes) (f : DhtNode -> DhtNode) (l : list DhtNode) : list DhtNode :=
  (fun n => if bool_decide (n_id n = id) then f n else n) <$> l.

(** [emplace] of the map; whether the node was added. *)
Fixpoint emplace (target : bytes) (n : DhtNode) (l : list DhtNode) : bool * list DhtNode :=
  match l with
  | [] => (true, [n])
  | m :: l' =>
      if is_closer (n_id m) (n_id n) target then let '(added, l') := emplace target n l' in (added, m :: l')
      else if is_closer (n_id n) (n_id m) target then (true, n :: l)
      else (false, l)
  end.

Definition add_contact (id : bytes) (sa : sockaddr) (s : DhtSearch) : res (bool * DhtSearch) :=
  n ← new_node id sa;
  let '(added, l) := emplace (m_target s) n (s_nodes s) in
  let s := with_nodes s l in
  Ok (added, if added then with_restart s true else s).

(** The nodes of one bucket; the counts of nodes still needed. *)
Fixpoint add_bucket (nodes : NodeMap) (ids : list bytes) (needClosest needGood : Z) (s : DhtSearch)
    : res (Z * Z * DhtSearch) :=
  match ids with
  | [] => Ok (needClosest, needGood, s)
  | id :: ids =>
      if (0 <? needClosest) || (0 <? needGood) then
        n ← get_node nodes id;
        if negb (is_bad n) || (0 <? needClosest) then
          '(added, s) ← add_contact (n_id n) (m_socket_address n) s;
          if added : bool then add_bucket nodes ids (needClosest - 1) (needGood - b2z (negb (is_bad n))) s
          else add_bucket nodes ids needClosest needGood s
        else add_bucket nodes ids needClosest needGood s
      else Ok (needClosest, needGood, s)
  end.

(** The chain has no more steps than there are buckets. *)
Fixpoint add_chain (fuel : nat) (nodes : NodeMap) (buckets : BucketMap) (c : DhtBucketChain) (needClosest needGood : Z)
    (s : DhtSearch) : res DhtSearch :=
  match fuel with
  | O => UB
  | S fuel =>
      b ← get_bucket buckets (m_cur c);
      '(needClosest, needGood, s) ← add_bucket nodes (b_nodes b) needClosest needGood s;
      if (0 <? needClosest) || (0 <? needGood) then
        next ← chain_next buckets c;
        match next with
        | None => Ok s
        | Some c => add_chain fuel nodes buckets c needClosest needGood s
        end
      else Ok s
  end.

Definition add_contacts (nodes : NodeMap) (buckets : BucketMap) (h : nat) (s : DhtSearch) : res DhtSearch :=
  add_chain (base.size buckets) nodes buckets (mkChain (Some h) h) (max_contacts - zlen (s_nodes s)) (Z.of_nat num_nodes) s.

Definition node_uncontacted (n : DhtNode) : bool := negb (is_active n) && negb (is_good n) && negb (is_bad n).

(** The nodes that are kept, and the first of them that was not contacted. *)
Fixpoint trim_loop (l : list DhtNode) (needClosest needGood : Z) : list DhtNode :=
  match l with
  | [] => []
  | n :: l =>
      if negb (is_active n) && (needClosest <=? 0) && (negb (is_good n) || (needGood <=? 0))
      then trim_loop l needClosest needGood
      else n :: trim_loop l (needClosest - 1) (needGood - b2z (is_good n))
  end.
Fixpoint first_uncontacted (l : list DhtNode) : option bytes :=
  match l with
  | [] => None
  | n :: l => if node_uncontacted n then Some (n_id n) else first_uncontacted l
  end.

Definition trim (is_final : bool) (s : DhtSearch) : DhtSearch :=
  let l := trim_loop (s_nodes s) (if is_final then 0 else max_contacts) (if is_announce s then max_announce else 0) in
  with_restart (with_next (with_nodes s l) (first_uncontacted l)) false.

Definition set_last_seen (n : DhtNode) (v : Z) : DhtNode :=
  mkNode (n_id n) (m_socket_address n) v (m_recently_active n) (m_recently_inactive n) (m_bucket n).
Definition set_node_active (n : DhtNode) (active : bool) : DhtNode := set_last_seen n (b2z active).

(** The nodes after an iterator. *)
Fixpoint after (id : bytes) (l : list DhtNode) : list DhtNode :=
  match l with
  | [] => []
  | n :: l => if bool_decide (n_id n = id) then l else after id l
  end.

Definition take_next (id : bytes) (s : DhtSearch) : DhtSearch :=
  let l := change_node id (fun n => set_node_active n true) (s_nodes s) in
  with_next (with_counts (with_nodes s l) (u32 (m_pending s + 1)) (u32 (m_contacted s + 1)) (m_replied s))
    (first_uncontacted (after id l)).

Definition get_contact (s : DhtSearch) : res (option bytes * DhtSearch) :=
  if m_concurrency s <=? m_pending s then Ok (None, s)
  else
    let s := if m_restart s then trim false s else s in
    match m_next s with
    | None => Ok (None, s)
    | Some id => _ ← of_deref (node_of id (s_nodes s)); Ok (Some id, take_next id s)
    end.

(** [set_good] and [set_bad] of a node that is in no bucket. *)
Definition set_good (now : Z) (n : DhtNode) : DhtNode :=
  mkNode (n_id n) (m_socket_address n) (u32 now) true 0 (m_bucket n).
Definition set_bad (n : DhtNode) : DhtNode :=
  mkNode (n_id n) (m_socket_address n) (m_last_seen n) false max_failed_replies (m_bucket n).

Definition node_status (now : Z) (id : bytes) (success : bool) (s : DhtSearch) : res DhtSearch :=
  n ← of_deref (node_of id (s_nodes s));
  _ ← throw_when (negb (is_active n)) internal_error;
  let f n := set_node_active (if success then set_good now n else set_bad n) false in
  Ok (with_counts (with_nodes s (change_node id f (s_nodes s))) (u32 (m_pending s - 1)) (m_contacted s)
        (if success then u32 (m_replied s + 1) else m_replied s)).

(** ** Announces *)

(** The nodes to announce to. *)
Definition start_announce (s : DhtSearch) : res (list bytes * DhtSearch) :=
  let s := trim true s in
  match s_nodes s with
  | [] => Ok ([], s)
  | _ =>
      _ ← throw_when (negb (complete s) || match m_next s with Some _ => true | None => false end
                      || (Z.of_nat num_nodes <? zlen (s_nodes s))) internal_error;
      let n := u32 (zlen (s_nodes s)) in
      let s := with_counts s n n 0 in
      Ok (n_id <$> s_nodes s, with_nodes s ((fun n => set_node_active n true) <$> s_nodes s))
  end.

(** ** Closeness *)

(** The distance of two identifiers as a number. *)
Definition distance (a t : bytes) : Z := num (zip_with Z.lxor a t).

Lemma lxor_bytes a t : Forall is_u8 a -> Forall is_u8 t -> Forall is_u8 (zip_with Z.lxor a t).
Proof.
  intros Ha. revert t. induction Ha as [|x a Hx Ha IH]; intros [|z t] Ht; cbn [zip_with]; try constructor.
  - apply Forall_cons in Ht as [Hz _]. by apply is_u8_lxor.
  - apply Forall_cons in Ht as [_ Ht]. by apply IH.
Qed.

Lemma xor_hash a t : is_hash a -> is_hash t -> is_hash (zip_with Z.lxor a t).
Proof. intros [Ha1 Ha2] [Ht1 Ht2]. split; [rewrite length_zip_with_l; [done|lia]|by apply lxor_bytes]. Qed.

Lemma xor_inj a b t : is_hash a -> is_hash b -> is_hash t -> zip_with Z.lxor a t = zip_with Z.lxor b t -> a = b.
Proof.
  intros [Ha _] [Hb _] [Ht _]. rewrite <- Hb in Ha. rewrite <- Hb in Ht. clear Hb. revert a b Ha Ht.
  induction t as [|z t IH]; intros [|x a] [|y b] Ha Ht; try done. cbn [zip_with]. intros [= Ex E].
  f_equal; [|apply IH; simpl in *; (done || lia)].
  apply (f_equal (fun v => Z.lxor v z)) in Ex. by rewrite !Z.lxor_assoc, Z.lxor_nilpotent, !Z.lxor_0_r in Ex.
Qed.

Lemma is_closer_lt a b t : length a = length t -> length b = length t -> Forall is_u8 a -> Forall is_u8 b -> Forall is_u8 t ->
  is_closer a b t = str_lt (zip_with Z.lxor a t) (zip_with Z.lxor b t).
Proof.
  intros Ha Hb. revert a b Ha Hb. induction t as [|z t IH]; intros [|x a] [|y b] Ha Hb Fa Fb Ft; try done.
  apply Forall_cons in Fa as [Hx Fa]. apply Forall_cons in Fb as [Hy Fb]. apply Forall_cons in Ft as [Hz Ft].
  cbn [is_closer zip_with]. specialize (IH a b ltac:(simpl in *; lia) ltac:(simpl in *; lia) Fa Fb Ft).
  pose proof (is_u8_lxor x z Hx Hz). pose proof (is_u8_lxor y z Hy Hz). rewrite !u8_small by done.
  unfold str_lt in *. cbn [str_compare]. destruct (Z.eqb_spec x y) as [->|Hne]; cbn [negb].
  - by rewrite Z.compare_refl.
  - destruct (Z.compare_spec (Z.lxor x z) (Z.lxor y z)) as [E|E|E].
    + exfalso. apply Hne. apply (f_equal (fun v => Z.lxor v z)) in E. by rewrite !Z.lxor_assoc, Z.lxor_nilpotent, !Z.lxor_0_r in E.
    + by apply Z.ltb_lt.
    + apply Z.ltb_ge. lia.
Qed.

(** A node is closer than another if its identifier, combined with the
    target by exclusive or and read as a number of 160 bits, is smaller. *)
Theorem closer_is_xor_distance a b t : is_hash a -> is_hash b -> is_hash t ->
  is_closer a b t = (distance a t <? distance b t).
Proof.
  intros Ha Hb Ht. rewrite is_closer_lt; [|destruct Ha, Hb, Ht; (done || congruence)..].
  by apply hash_lt_num; apply xor_hash.
Qed.

(** ** The nodes of a search *)

Definition ids (l : list DhtNode) : list bytes := n_id <$> l.
Definition active_ids (l : list DhtNode) : list bytes := omap (fun n => if is_active n then Some (n_id n) else None) l.

(** The closest first. *)
Definition by_distance (t : bytes) (l : list DhtNode) : Prop :=
  StronglySorted (fun x y => distance x t < distance y t) (ids l).

Lemma by_distance_nodup t l : by_distance t l -> NoDup (ids l).
Proof.
  unfold by_distance. generalize (ids l). clear l. intros l. induction 1 as [|x l _ IH Hx]; constructor; [|done].
  intros Hin. rewrite Forall_forall in Hx. specialize (Hx x Hin). lia.
Qed.

Lemma sorted_sublist {A} (R : A -> A -> Prop) k l : sublist k l -> StronglySorted R l -> StronglySorted R k.
Proof.
  induction 1 as [|x k l Hk IH|x k l Hk IH]; intros Hs; [done| |]; apply StronglySorted_inv in Hs as [Hs Hx].
  - constructor; [by apply IH|]. rewrite Forall_forall in *. intros y Hy. apply Hx.
    by eapply elem_of_submseteq, sublist_submseteq.
  - by apply IH.
Qed.

(** A node taken out of its list. *)
Lemma node_split id l : NoDup (ids l) -> id ∈ ids l -> exists l1 n l2, l = l1 ++ n :: l2 /\ n_id n = id /\
  node_of id l = Some n /\ after id l = l2 /\ (forall f, change_node id f l = l1 ++ f n :: l2) /\
  (forall f, n_id (f n) = id -> after id (change_node id f l) = l2).
Proof.
  induction l as [|m l IH]; intros Hn Hin; [by apply elem_of_nil in Hin|]. cbn in Hn. apply NoDup_cons in Hn as [Hm Hn].
  destruct (decide (n_id m = id)) as [E|E].
  - exists [], m, l. assert (Hl : forall f, change_node id f l = l).
    { intros f. unfold change_node. rewrite <- (map_id l) at 2. apply list_fmap_ext. intros i x Hx. rewrite bool_decide_false; [done|].
      intros Ex. apply Hm. rewrite E, <- Ex. by eapply list_elem_of_fmap_2, list_elem_of_lookup_2. }
    cbn. rewrite !(bool_decide_true _ E). split_and!; try done; intros f; cbn; [by rewrite <- (Hl f) at 2|].
    intros Ef. rewrite bool_decide_true by done. apply Hl.
  - apply elem_of_cons in Hin as [|Hin]; [congruence|]. destruct (IH Hn Hin) as (l1 & n & l2 & -> & En & H1 & H2 & H3 & H4).
    exists (m :: l1), n, l2. cbn. rewrite !(bool_decide_false _ E). split_and!; try done; intros f. by rewrite <- H3.
Qed.

Lemma node_ids_app l k : ids (l ++ k) = ids l ++ ids k.
Proof. apply fmap_app. Qed.
Lemma active_ids_app l k : active_ids (l ++ k) = active_ids l ++ active_ids k.
Proof. apply omap_app. Qed.

Lemma ids_change id f l : (forall n, n_id (f n) = n_id n) -> ids (change_node id f l) = ids l.
Proof.
  intros Hf. unfold ids, change_node. rewrite <- list_fmap_compose. apply list_fmap_ext. intros i n _. cbn.
  case_bool_decide; [apply Hf|done].
Qed.

Lemma emplace_spec t n l : is_hash t -> is_hash (n_id n) -> Forall is_hash (ids l) -> by_distance t l ->
  match emplace t n l with
  | (true, l') => (n_id n ∉ ids l) /\ by_distance t l' /\ exists l1 l2, l = l1 ++ l2 /\ l' = l1 ++ n :: l2
  | (false, l') => n_id n ∈ ids l /\ l' = l
  end.
Proof.
  intros Ht Hn. induction l as [|m l IH]; intros Hl Hs.
  - cbn. split; [apply not_elem_of_nil|]. split; [repeat constructor|]. by exists [], [].
  - cbn in Hl. apply Forall_cons in Hl as [Hm Hl]. unfold by_distance in Hs. cbn in Hs. apply StronglySorted_inv in Hs as [Hs Hx].
    specialize (IH Hl Hs). cbn [emplace]. rewrite !closer_is_xor_distance by done. rewrite Forall_forall in Hx.
    destruct (Z.ltb_spec (distance (n_id m) t) (distance (n_id n) t)) as [Hc|Hc].
    + destruct (emplace t n l) as [[] l'].
      * destruct IH as (Hin & Hb & l1 & l2 & -> & ->). split.
        { intros [E|E]%elem_of_cons; [rewrite E in Hc; lia|done]. }
        split; [|by exists (m :: l1), l2]. constructor; [done|]. fold (ids (l1 ++ n :: l2)). rewrite node_ids_app. cbn.
        rewrite Forall_forall. intros x. rewrite elem_of_app, elem_of_cons. intros [Hx1|[->|Hx2]]; [| |].
        -- apply Hx. fold (ids (l1 ++ l2)). rewrite node_ids_app, elem_of_app. by left.
        -- lia.
        -- apply Hx. fold (ids (l1 ++ l2)). rewrite node_ids_app, elem_of_app. by right.
      * destruct IH as [Hin ->]. split; [|done]. apply elem_of_cons. by right.
    + destruct (Z.ltb_spec (distance (n_id n) t) (distance (n_id m) t)) as [Hd|Hd].
      * split.
        { intros [E|E]%elem_of_cons; [rewrite E in Hd; lia|]. specialize (Hx _ E). lia. }
        split; [|by exists [], (m :: l)]. unfold by_distance. cbn. constructor; [by constructor; [|rewrite Forall_forall]|].
        apply Forall_cons. split; [done|]. rewrite Forall_forall. intros x Hin. specialize (Hx x Hin). lia.
      * assert (E : n_id n = n_id m).
        { assert (Ed : distance (n_id n) t = distance (n_id m) t) by lia. unfold distance in Ed.
          apply num_inj in Ed; [|by apply xor_hash..]. by apply (xor_inj _ _ t). }
        split; [|done]. cbn. rewrite E. apply elem_of_cons. by left.
Qed.

(** ** What holds of a search *)

(** [opens] are the nodes with a query under way, [stalled] counts those of
    them that do not count for the limit. *)
Record ok (s : DhtSearch) (opens : list bytes) (stalled : Z) : Prop := {
  ok_target : is_hash (m_target s);
  ok_ids : Forall is_hash (ids (s_nodes s));
  ok_sorted : by_distance (m_target s) (s_nodes s);
  ok_size : zlen (s_nodes s) < 2 ^ 31;
  ok_active : active_ids (s_nodes s) ≡ₚ opens;
  ok_pending : m_pending s = zlen opens;
  ok_concurrency : m_concurrency s = 3 + stalled;
  ok_stalled : 0 <= stalled <= zlen opens;
  ok_limit : zlen opens <= 3 + stalled;
  ok_next : m_restart s = false -> m_next s = first_uncontacted (s_nodes s)
}.

Lemma active_ids_incl l : active_ids l ⊆+ ids l.
Proof.
  induction l as [|n l IH]; [done|]. unfold active_ids. cbn. destruct (is_active n); [by apply submseteq_skip|by apply submseteq_cons].
Qed.

Lemma ok_opens_size s opens st : ok s opens st -> zlen opens < 2 ^ 31.
Proof.
  intros Hok. pose proof (submseteq_length _ _ (active_ids_incl (s_nodes s))) as Hl. rewrite (ok_active _ _ _ Hok) in Hl.
  unfold ids in Hl. rewrite length_fmap in Hl. pose proof (ok_size _ _ _ Hok). unfold zlen in *. lia.
Qed.

Lemma new_search_ok announce t : is_hash t -> ok (new_search announce t) [] 0.
Proof. intros Ht. split; try done; cbn; by constructor. Qed.

Lemma new_node_ok id sa n : new_node id sa = Ok n -> n_id n = id /\ is_active n = false /\ node_uncontacted n = true.
Proof. unfold new_node. intros E. res_inv. done. Qed.

Lemma active_ids_insert l1 l2 n : is_active n = false -> active_ids (l1 ++ n :: l2) = active_ids (l1 ++ l2).
Proof. intros Hn. rewrite !active_ids_app. unfold active_ids at 2. cbn. by rewrite Hn. Qed.

(** The addresses of the nodes of the network are IPv4 addresses; queries to
    others have no key. *)
Definition plain_address (sa : sockaddr) : Prop := match sa with AF_INET _ => True | _ => False end.
Definition inet_nodes (l : list DhtNode) : Prop := Forall (fun n => plain_address (m_socket_address n)) l.

Lemma add_contact_ok id sa s opens st : ok s opens st -> is_hash id -> plain_address sa -> zlen (s_nodes s) < 2 ^ 31 - 1 ->
  exists added s', add_contact id sa s = Ok (added, s') /\ ok s' opens st /\ m_target s' = m_target s /\
    is_announce s' = is_announce s /\ m_started s' = m_started s /\
    zlen (s_nodes s) <= zlen (s_nodes s') <= zlen (s_nodes s) + 1 /\
    (added = false -> s' = s) /\ sublist (s_nodes s) (s_nodes s').
Proof.
  intros Hok Hid Hsa Hsz. unfold add_contact. unfold plain_address in Hsa.
  destruct (new_node id sa) as [n| |] eqn:En; [|unfold new_node in En; by destruct sa..].
  destruct (new_node_ok _ _ _ En) as (Eid & Hact & _). destruct Hok as [O1 O2 O3 O4 O5 O6 O7 O8 O9 O10].
  pose proof (emplace_spec (m_target s) n (s_nodes s) O1 ltac:(by rewrite Eid) O2 O3) as He.
  cbn [mbind res_bind]. destruct (emplace _ n _) as [[] l']; eexists _, _; (split; [reflexivity|]).
  - destruct He as (Hni & Hb & l1 & l2 & El & ->). split.
    { split; cbn; try done.
      - rewrite El, node_ids_app in O2. rewrite node_ids_app. cbn. apply Forall_app in O2 as [? ?]. rewrite Forall_app, Forall_cons. by rewrite Eid.
      - unfold zlen in *. rewrite El, length_app in Hsz. rewrite length_app. cbn. lia.
      - by rewrite active_ids_insert, <- El by done. }
    split_and!; try done; cbn; rewrite El; unfold zlen; rewrite ?length_app; cbn; try lia.
    by apply sublist_app; [|constructor].
  - destruct He as [Hin ->]. assert (Es : with_nodes s (s_nodes s) = s) by (by destruct s). rewrite Es. split_and!; try done; lia.
Qed.

Lemma trim_sublist l a b : sublist (trim_loop l a b) l.
Proof. revert a b. induction l as [|n l IH]; intros a b; cbn; [done|]. case_match; by constructor. Qed.

Lemma trim_active l a b : active_ids (trim_loop l a b) = active_ids l.
Proof.
  revert a b. induction l as [|n l IH]; intros a b; [done|]. cbn [trim_loop]. unfold active_ids in *. cbn [omap list_omap].
  destruct (is_active n) eqn:E; cbn [negb andb].
  - cbn. rewrite E. by rewrite IH.
  - case_match; [by rewrite IH|]. cbn. rewrite E. by rewrite IH.
Qed.

Lemma trim_ok final s opens st : ok s opens st -> ok (trim final s) opens st.
Proof.
  intros [O1 O2 O3 O4 O5 O6 O7 O8 O9 O10]. pose proof (trim_sublist (s_nodes s) (if final then 0 else max_contacts) (if is_announce s then max_announce else 0)) as Hs.
  split; try done; cbn.
  - rewrite Forall_forall in *. intros x Hx. apply O2. by eapply elem_of_submseteq, sublist_submseteq, fmap_sublist.
  - eapply sorted_sublist; [|exact O3]. by apply fmap_sublist.
  - apply sublist_length in Hs. unfold zlen in *. lia.
  - by rewrite trim_active.
Qed.

Lemma first_uncontacted_split l id : first_uncontacted l = Some id <->
  exists l1 n l2, l = l1 ++ n :: l2 /\ n_id n = id /\ node_uncontacted n = true /\ Forall (fun m => node_uncontacted m = false) l1.
Proof.
  induction l as [|m l IH]; cbn; [split; [done|by intros ([] & n & l2 & ? & _)]|]. destruct (node_uncontacted m) eqn:E.
  - split.
    + intros [= <-]. by exists [], m, l.
    + intros ([|m' l1] & n & l2 & [= <- ->] & <- & Hn & Hl); [done|]. apply Forall_cons in Hl as [Hl _]. congruence.
  - rewrite IH. split.
    + intros (l1 & n & l2 & -> & H1 & H2 & H3). exists (m :: l1), n, l2. split_and!; try done. by constructor.
    + intros ([|m' l1] & n & l2 & [= <- ->] & <- & Hn & Hl); [congruence|]. apply Forall_cons in Hl as [_ Hl]. by exists l1, n, l2.
Qed.

Lemma first_uncontacted_app l k : Forall (fun m => node_uncontacted m = false) l -> first_uncontacted (l ++ k) = first_uncontacted k.
Proof. induction 1 as [|m l Hm _ IH]; [done|]. cbn. by rewrite Hm. Qed.

Lemma active_contacted n : is_active n = true -> node_uncontacted n = false.
Proof. unfold node_uncontacted. by intros ->. Qed.

Lemma split_unique l1 n l2 k1 m k2 : NoDup (ids (l1 ++ n :: l2)) -> l1 ++ n :: l2 = k1 ++ m :: k2 -> n_id n = n_id m ->
  l1 = k1 /\ n = m /\ l2 = k2.
Proof.
  revert k1. induction l1 as [|x l1 IH]; intros [|y k1] Hnd E Em; cbn in *; injection E as Ex E; [done| | |].
  - exfalso. apply NoDup_cons in Hnd as [Hnd _]. apply Hnd. rewrite E, Em, node_ids_app. apply elem_of_app. right. by left.
  - exfalso. apply NoDup_cons in Hnd as [Hnd _]. apply Hnd. rewrite Ex, <- Em, node_ids_app. apply elem_of_app. right. by left.
  - apply NoDup_cons in Hnd as [_ Hnd]. subst y. by destruct (IH k1 Hnd E Em) as (-> & -> & ->).
Qed.

(** The closest node that was not contacted is taken. *)
Lemma take_next_ok s opens st id : ok s opens st -> m_restart s = false -> m_next s = Some id -> zlen opens < 3 + st ->
  is_Some (node_of id (s_nodes s)) /\ ok (take_next id s) (id :: opens) st /\ id ∉ opens.
Proof.
  intros Hok Hr Hn Hlt. pose proof (ok_opens_size _ _ _ Hok) as Hz. destruct Hok as [O1 O2 O3 O4 O5 O6 O7 O8 O9 O10].
  rewrite (O10 Hr) in Hn. apply first_uncontacted_split in Hn as (l1 & n & l2 & El & Eid & Hu & Hl1).
  pose proof (by_distance_nodup _ _ O3) as Hnd.
  destruct (node_split id (s_nodes s) Hnd) as (k1 & m & k2 & Ek & Em & H1 & H2 & H3 & H4).
  { rewrite El, node_ids_app, elem_of_app. right. cbn. rewrite Eid. apply elem_of_cons. by left. }
  rewrite El in Ek. destruct (split_unique l1 n l2 k1 m k2) as (<- & <- & <-); [by rewrite <- El|done|congruence|].
  set (f := fun n => set_node_active n true) in *.
  assert (Hina : is_active n = false) by (unfold node_uncontacted in Hu; by destruct (is_active n)).
  split; [by rewrite H1|]. split.
  - split; cbn [take_next with_next with_counts with_nodes m_target s_nodes m_pending m_concurrency m_restart m_next]; try done.
    + by rewrite ids_change by done.
    + unfold by_distance. by rewrite ids_change by done.
    + unfold zlen in *. unfold change_node. by rewrite length_fmap.
    + fold f. rewrite H3. rewrite <- O5, El, (active_ids_insert _ _ _ Hina), !active_ids_app. unfold active_ids at 2.
      cbn. rewrite Eid. symmetry. apply Permutation_middle.
    + rewrite O6. rewrite u32_small; unfold zlen in *; cbn [length]; lia.
    + unfold zlen in *. cbn [length]. lia.
    + unfold zlen in *. cbn [length]. lia.
    + intros _. fold f. rewrite (H4 f) by done. rewrite H3, first_uncontacted_app by done. cbn [first_uncontacted].
      by rewrite active_contacted.
  - intros Hin. rewrite <- O5, El, active_ids_insert in Hin by done.
    assert (Hin' : id ∈ ids (l1 ++ l2)) by (eapply elem_of_submseteq; [done|apply active_ids_incl]).
    rewrite El in Hnd. rewrite node_ids_app in Hnd, Hin'. cbn in Hnd. apply NoDup_app in Hnd as (_ & Hd & Hnd). apply NoDup_cons in Hnd as [Hnd _].
    rewrite elem_of_app in Hin'. rewrite Eid in *. destruct Hin' as [Hin'|Hin']; [|done]. apply (Hd id Hin'). apply elem_of_cons. by left.
Qed.

Lemma get_contact_ok s opens st : ok s opens st -> exists r s', get_contact s = Ok (r, s') /\
  m_target s' = m_target s /\ is_announce s' = is_announce s /\ m_started s' = m_started s /\
  match r with
  | None => ok s' opens st
  | Some id => ok s' (id :: opens) st /\ id ∉ opens
  end.
Proof.
  intros Hok. unfold get_contact. destruct (Z.leb_spec (m_concurrency s) (m_pending s)) as [|Hlt].
  { by eexists None, s. }
  rewrite (ok_concurrency _ _ _ Hok), (ok_pending _ _ _ Hok) in Hlt.
  set (s1 := if m_restart s then trim false s else s).
  assert (H1 : ok s1 opens st /\ m_restart s1 = false /\ m_target s1 = m_target s /\ is_announce s1 = is_announce s /\ m_started s1 = m_started s).
  { unfold s1. destruct (m_restart s) eqn:Er; [|done]. by split; [apply trim_ok|]. }
  destruct H1 as (H1 & Hr & E1 & E2 & E3). clearbody s1. destruct (m_next s1) as [id|] eqn:En.
  - destruct (take_next_ok s1 opens st id H1 Hr En Hlt) as ([n Hn] & H2 & Hni). rewrite Hn. cbn.
    by eexists (Some id), _.
  - by eexists None, s1.
Qed.

Lemma first_uncontacted_same l1 n m l2 : node_uncontacted n = false -> node_uncontacted m = false ->
  first_uncontacted (l1 ++ m :: l2) = first_uncontacted (l1 ++ n :: l2).
Proof. intros Hn Hm. induction l1 as [|x l1 IH]; cbn; [by rewrite Hn, Hm|]. by rewrite IH. Qed.

(** The answer of a node with a query under way, once the limit is adjusted. *)
Lemma node_status_ok now id success s opens st st' : ok s (id :: opens) st -> 0 <= st' <= zlen opens -> zlen opens <= 3 + st' ->
  exists s', node_status now id success (with_concurrency s (3 + st')) = Ok s' /\ ok s' opens st' /\
    m_target s' = m_target s /\ is_announce s' = is_announce s /\ m_started s' = m_started s /\
    ids (s_nodes s') = ids (s_nodes s).
Proof.
  intros Hok Hst Hlim. pose proof (ok_opens_size _ _ _ Hok) as Hz. destruct Hok as [O1 O2 O3 O4 O5 O6 O7 O8 O9 O10].
  pose proof (by_distance_nodup _ _ O3) as Hnd. unfold node_status. cbn [with_concurrency s_nodes m_pending m_contacted m_replied].
  assert (Hin : id ∈ active_ids (s_nodes s)) by (rewrite O5; by left).
  destruct (node_split id (s_nodes s) Hnd) as (l1 & n & l2 & El & Eid & H1 & H2 & H3 & _).
  { eapply elem_of_submseteq; [done|apply active_ids_incl]. }
  assert (Hact : is_active n = true).
  { apply list_elem_of_omap in Hin as (m & Hm & Em). destruct (is_active m) eqn:Ea; [|done]. injection Em as Em.
    rewrite El in Hm. apply elem_of_app in Hm as [Hm|Hm]; [|apply elem_of_cons in Hm as [->|Hm]; [done|]]; exfalso;
      rewrite El, node_ids_app in Hnd; cbn in Hnd; apply NoDup_app in Hnd as (_ & Hd & Hnd); apply NoDup_cons in Hnd as [Hnd _].
    - apply (Hd (n_id m)); [by apply list_elem_of_fmap_2|]. rewrite Em, Eid. by left.
    - apply Hnd. rewrite Eid, <- Em. by apply list_elem_of_fmap_2. }
  rewrite H1. cbn [of_deref mbind res_bind]. rewrite Hact. cbn [negb throw_when mbind res_bind]. eexists. split; [reflexivity|].
  set (f := fun n => set_node_active (if success then set_good now n else set_bad n) false).
  assert (Hf : forall n, n_id (f n) = n_id n) by (intros m; by destruct success).
  assert (Hfa : is_active (f n) = false) by done.
  assert (Hfu : node_uncontacted (f n) = false) by (by destruct success).
  split; [|split_and!; try done; cbn; by apply ids_change].
  split; cbn [with_counts with_concurrency with_nodes m_target s_nodes m_pending m_concurrency m_restart m_next]; try done.
  - by rewrite ids_change.
  - unfold by_distance. by rewrite ids_change.
  - unfold zlen in *. unfold change_node. by rewrite length_fmap.
  - fold f. rewrite H3, (active_ids_insert _ _ _ Hfa). rewrite El in O5. rewrite active_ids_app in O5. unfold active_ids in O5 at 2.
    cbn [omap list_omap] in O5. rewrite Hact, Eid in O5. rewrite active_ids_app. fold (active_ids l2) in O5.
    apply (Permutation_cons_inv (a := id)). rewrite <- O5. apply Permutation_middle.
  - rewrite O6. rewrite u32_small; unfold zlen in *; cbn [length] in *; lia.
  - intros Hr. rewrite (O10 Hr), El. fold f. rewrite <- El, H3. rewrite El. symmetry. apply first_uncontacted_same; [|done].
    by apply active_contacted.
Qed.

(** When nothing is under way only nodes that replied are kept for an announce,
    and there are at most three of them. *)
Lemma trim_final l a b : a <= 0 -> active_ids l = [] ->
  Forall (fun n => is_good n = true) (trim_loop l a b) /\ (0 <= b -> zlen (trim_loop l a b) <= b).
Proof.
  revert a b. induction l as [|n l IH]; intros a b Ha Hl; [done|]. cbn [trim_loop]. unfold active_ids in Hl. cbn [omap list_omap] in Hl.
  destruct (is_active n); [done|]. fold (active_ids l) in Hl. rewrite (proj2 (Z.leb_le a 0)) by lia. cbn [negb andb].
  destruct (is_good n) eqn:Eg; cbn [negb orb b2z].
  - destruct (Z.leb_spec b 0); [by apply IH|]. destruct (IH (a - 1) (b - 1) ltac:(lia) Hl) as [H1 H2].
    split; [by constructor|]. intros _. unfold zlen in *. cbn [length]. lia.
  - by apply IH.
Qed.

Lemma good_contacted l : Forall (fun n => is_good n = true) l -> first_uncontacted l = None.
Proof.
  induction 1 as [|n l Hn _ IH]; [done|]. cbn. unfold node_uncontacted. rewrite Hn. by rewrite andb_false_r.
Qed.

Lemma active_all l : active_ids ((fun n => set_node_active n true) <$> l) = ids l.
Proof. induction l as [|n l IH]; [done|]. unfold active_ids in *. cbn. by rewrite IH. Qed.

Lemma active_none_left l : first_uncontacted ((fun n => set_node_active n true) <$> l) = None.
Proof. by induction l. Qed.

Lemma start_announce_ok s : ok s [] 0 -> is_announce s = true -> complete s = true ->
  exists l s', start_announce s = Ok (l, s') /\ ok s' l 0 /\ l = ids (s_nodes s') /\ m_target s' = m_target s /\
    is_announce s' = true /\ m_started s' = true.
Proof.
  intros Hok Ha Hc. pose proof (trim_ok true s [] 0 Hok) as H1. unfold start_announce.
  unfold complete in Hc. apply andb_true_iff in Hc as [Hst Hp].
  assert (He : active_ids (s_nodes s) = []) by (apply Permutation_nil_r, (ok_active _ _ _ Hok)).
  destruct (trim_final (s_nodes s) 0 max_announce ltac:(lia) He) as [Hg Hl]. specialize (Hl ltac:(done)).
  assert (Hn : s_nodes (trim true s) = trim_loop (s_nodes s) 0 max_announce) by (cbn; by rewrite Ha).
  set (s1 := trim true s) in *. assert (Hnx : m_next s1 = None) by (rewrite (ok_next _ _ _ H1 eq_refl), Hn; by apply good_contacted).
  assert (Hc1 : complete s1 = true) by (unfold complete; cbn; by rewrite Hst, Hp).
  assert (E1 : m_target s1 = m_target s) by done. assert (E2 : is_announce s1 = true) by done. assert (E3 : m_started s1 = true) by done.
  rewrite <- Hn in Hl. clearbody s1. clear Hn. destruct (s_nodes s1) as [|n l] eqn:El.
  { eexists [], s1. split; [done|]. by rewrite El. }
  rewrite <- El in *. rewrite Hc1, Hnx. cbn [negb orb].
  rewrite (proj2 (Z.ltb_ge (Z.of_nat DhtBucket.num_nodes) (zlen (s_nodes s1)))) by (unfold max_announce in Hl; change (Z.of_nat DhtBucket.num_nodes) with 8; lia).
  cbn [throw_when mbind res_bind]. eexists _, _. split; [reflexivity|].
  assert (Hids : ids ((fun n => set_node_active n true) <$> s_nodes s1) = ids (s_nodes s1)).
  { unfold ids. by rewrite <- list_fmap_compose. }
  split; [|split_and!; try done; cbn; by rewrite Hids].
  destruct H1 as [O1 O2 O3 O4 O5 O6 O7 O8 O9 O10]. pose proof (zlen_nonneg (s_nodes s1)).
  assert (Hz : zlen (n_id <$> s_nodes s1) = zlen (s_nodes s1)) by (unfold zlen; by rewrite length_fmap).
  split; cbn [with_nodes with_counts m_target s_nodes m_pending m_concurrency m_restart m_next]; try done.
  - by rewrite Hids.
  - unfold by_distance. by rewrite Hids.
  - unfold zlen in *. by rewrite length_fmap.
  - by rewrite active_all.
  - by rewrite Hz, u32_small by lia.
  - rewrite Hz. lia.
  - rewrite Hz. unfold max_announce in Hl. lia.
  - intros _. by rewrite Hnx, active_none_left.
Qed.

(** ** No node twice *)

Definition closer_nodes (t x : bytes) (l : list DhtNode) : list DhtNode :=
  filter (fun n => distance (n_id n) t < distance x t) l.

(** [x] was contacted: it is still here as such, or there are so many closer
    nodes that it is not taken up again. *)
Definition known (t : bytes) (l : list DhtNode) (x : bytes) : Prop :=
  (exists n, n ∈ l /\ n_id n = x /\ node_uncontacted n = false) \/ (18 <= length (closer_nodes t x l))%nat.

Record asked_ok (s : DhtSearch) (asked : list bytes) : Prop := {
  ak_once : NoDup asked;
  ak_known : Forall (known (m_target s) (s_nodes s)) asked;
  ak_near : m_restart s = false -> Forall (fun n => node_uncontacted n = true ->
    (length (closer_nodes (m_target s) (n_id n) (s_nodes s)) < 18)%nat) (s_nodes s)
}.

Lemma closer_nodes_app t x l k : closer_nodes t x (l ++ k) = closer_nodes t x l ++ closer_nodes t x k.
Proof. apply filter_app. Qed.

Lemma closer_nodes_sublist t x l k : sublist l k -> (length (closer_nodes t x l) <= length (closer_nodes t x k))%nat.
Proof.
  induction 1 as [|n l k _ IH|n l k _ IH]; [done| |]; unfold closer_nodes in *; rewrite ?filter_cons; repeat case_decide; cbn; lia.
Qed.

Lemma closer_nodes_ids t x l k : ids l = ids k -> length (closer_nodes t x l) = length (closer_nodes t x k).
Proof.
  revert k. induction l as [|n l IH]; intros [|m k] E; [done..|]. cbn in E. injection E as En E. unfold closer_nodes in *.
  rewrite !filter_cons, En. specialize (IH k E). case_decide; cbn; lia.
Qed.

Lemma known_sublist t l k x : sublist l k -> known t l x -> known t k x.
Proof.
  intros Hs [(n & Hn & E & Hu)|Hc]; [left; exists n|right].
  - split; [|done]. by eapply elem_of_submseteq, sublist_submseteq.
  - pose proof (closer_nodes_sublist t x l k Hs). lia.
Qed.

(** The nearest nodes stay. *)
Lemma trim_keeps_front l a b : exists b', trim_loop l (Z.of_nat a) b = take a l ++ trim_loop (drop a l) 0 b'.
Proof.
  revert a b. induction l as [|n l IH]; intros [|a] b; [by exists b..|by exists b|].
  cbn [trim_loop take drop]. rewrite (proj2 (Z.leb_gt (Z.of_nat (S a)) 0)) by lia. rewrite andb_false_r. cbn [andb].
  replace (Z.of_nat (S a) - 1) with (Z.of_nat a) by lia. destruct (IH a (b - b2z (is_good n))) as [b' ->]. by exists b'.
Qed.

Lemma closer_front t l1 l2 x : by_distance t (l1 ++ l2) -> (length l1 <= length (closer_nodes t x (l1 ++ l2)))%nat ->
  closer_nodes t x l1 = l1.
Proof.
  intros Hs. induction l1 as [|n l1 IH]; intros Hc; [done|]. cbn [app] in *. unfold by_distance in Hs. cbn in Hs.
  apply StronglySorted_inv in Hs as [Hs Hn]. unfold closer_nodes in Hc. rewrite filter_cons in Hc. unfold closer_nodes. rewrite filter_cons.
  case_decide as Hd.
  - f_equal. apply IH; [done|]. cbn in Hc. unfold closer_nodes. lia.
  - exfalso. cbn [length] in Hc. assert (E : filter (fun n => distance (n_id n) t < distance x t) (l1 ++ l2) = []); [|rewrite E in Hc; cbn in Hc; lia].
    clear -Hn Hd. induction (l1 ++ l2) as [|m l IH]; [done|]. cbn in Hn. apply Forall_cons in Hn as [Hm Hn]. rewrite filter_cons.
    rewrite decide_False by lia. by apply IH.
Qed.

Lemma closer_of_split t l1 n l2 : by_distance t (l1 ++ n :: l2) -> closer_nodes t (n_id n) (l1 ++ n :: l2) = l1.
Proof.
  intros Hs. unfold by_distance in Hs. rewrite node_ids_app in Hs. apply StronglySorted_app in Hs as (Ha & _ & Hb). rewrite closer_nodes_app.
  cbn in Hb. apply StronglySorted_inv in Hb as [_ Hb]. unfold closer_nodes. rewrite filter_cons, decide_False by lia.
  assert (E1 : filter (fun m => distance (n_id m) t < distance (n_id n) t) l2 = []).
  { clear -Hb. induction l2 as [|m l IH]; [done|]. cbn in Hb. apply Forall_cons in Hb as [Hm Hb]. rewrite filter_cons, decide_False by lia. by apply IH. }
  rewrite E1, app_nil_r. clear -Ha. induction l1 as [|m l IH]; [done|]. rewrite filter_cons, decide_True.
  - f_equal. apply IH. intros x1 x2 H1 H2. apply Ha; [|done]. by right.
  - apply Ha; [by left|by left].
Qed.

Lemma trim_known s x : by_distance (m_target s) (s_nodes s) -> known (m_target s) (s_nodes s) x ->
  known (m_target (trim false s)) (s_nodes (trim false s)) x.
Proof.
  intros Hs Hk. cbn [trim with_restart with_next with_nodes m_target s_nodes]. set (t := m_target s) in *. set (l := s_nodes s) in *.
  destruct (trim_keeps_front l 18 (if is_announce s then max_announce else 0)) as [b' Eb]. change (Z.of_nat 18) with max_contacts in Eb. rewrite Eb.
  assert (Hfront : (18 <= length (closer_nodes t x l))%nat -> (18 <= length (closer_nodes t x (take 18 l ++ trim_loop (drop 18 l) 0 b')))%nat).
  { intros Hc. assert (Hl : length (take 18 l) = 18%nat).
    { rewrite length_take. unfold closer_nodes in Hc. pose proof (length_filter (fun n => distance (n_id n) t < distance x t) l). lia. }
    rewrite closer_nodes_app, length_app. rewrite (closer_front t (take 18 l) (drop 18 l)); rewrite ?take_drop; [lia|done|lia]. }
  destruct Hk as [(n & Hn & E & Hu)|Hc]; [|right; by apply Hfront].
  rewrite <- (take_drop 18 l) in Hn. apply elem_of_app in Hn as [Hn|Hn].
  { left. exists n. split; [apply elem_of_app; by left|done]. }
  right. apply Hfront.
  apply list_elem_of_split in Hn as (k1 & k2 & Ek). rewrite <- (take_drop 18 l), Ek, app_assoc in Hs |- *.
  rewrite <- E, closer_of_split by done. rewrite length_app, length_take. assert (length (drop 18 l) <> 0%nat) by (rewrite Ek, length_app; cbn; lia).
  rewrite length_drop in *. lia.
Qed.

Lemma trim_final_contacted l a b : a <= 0 -> Forall (fun n => node_uncontacted n = false) (trim_loop l a b).
Proof.
  revert a b. induction l as [|n l IH]; intros a b Ha; [done|]. cbn [trim_loop]. rewrite (proj2 (Z.leb_le a 0) Ha).
  unfold node_uncontacted. destruct (is_active n) eqn:E1; cbn [negb andb].
  - constructor; [by rewrite E1|apply IH; lia].
  - destruct (is_good n) eqn:E2; cbn [negb orb]; [|by apply IH]. case_match; [by apply IH|]. constructor; [by rewrite E2, andb_false_r|apply IH; lia].
Qed.

Lemma trim_near s : by_distance (m_target s) (s_nodes s) -> Forall (fun n => node_uncontacted n = true ->
  (length (closer_nodes (m_target s) (n_id n) (s_nodes (trim false s))) < 18)%nat) (s_nodes (trim false s)).
Proof.
  intros Hs. cbn [trim with_restart with_next with_nodes s_nodes]. set (t := m_target s) in *. set (l := s_nodes s) in *.
  destruct (trim_keeps_front l 18 (if is_announce s then max_announce else 0)) as [b' Eb]. change (Z.of_nat 18) with max_contacts in Eb.
  assert (Hs' : by_distance t (trim_loop l max_contacts (if is_announce s then max_announce else 0))).
  { eapply sorted_sublist; [|exact Hs]. apply fmap_sublist, trim_sublist. }
  rewrite Eb in Hs' |- *. rewrite Forall_forall. intros n Hn Hu. apply elem_of_app in Hn as [Hn|Hn].
  - apply list_elem_of_split in Hn as (k1 & k2 & Ek). assert (Hl : (length k1 < 18)%nat).
    { pose proof (f_equal length Ek) as El. rewrite length_take, length_app, length_cons in El. lia. }
    rewrite Ek, <- app_assoc in Hs' |- *. cbn [app] in *. by rewrite closer_of_split.
  - pose proof (trim_final_contacted (drop 18 l) 0 b' ltac:(lia)) as Hf. rewrite Forall_forall in Hf. specialize (Hf n Hn). congruence.
Qed.

(** Nodes change, but not back to nodes that were never contacted. *)
Definition aged (l k : list DhtNode) : Prop :=
  Forall2 (fun n m => n_id n = n_id m /\ (node_uncontacted n = false -> node_uncontacted m = false)) l k.

(** The nodes have the addresses they had. *)
Definition same_addresses (l k : list DhtNode) : Prop := m_socket_address <$> l = m_socket_address <$> k.

Lemma inet_same l k : same_addresses l k -> inet_nodes l -> inet_nodes k.
Proof.
  intros Hs Hl. revert k Hs. induction Hl as [|n l Hn _ IH]; intros [|m k] Hs; try done; [constructor|].
  injection Hs as Hm Hs. constructor; [by rewrite <- Hm|by apply IH].
Qed.

Lemma change_addresses id f l : (forall n, m_socket_address (f n) = m_socket_address n) -> same_addresses l (change_node id f l).
Proof.
  intros Hf. unfold same_addresses, change_node. induction l as [|n l IH]; [done|]. cbn. rewrite IH.
  by case_bool_decide; rewrite ?Hf.
Qed.

Lemma inet_sublist l k : sublist l k -> inet_nodes k -> inet_nodes l.
Proof.
  intros Hs. induction Hs as [|n l k _ IH|n l k _ IH]; intros Hk; [done| |]; apply Forall_cons in Hk as [Hn Hk];
    [constructor; [done|]|]; by apply IH.
Qed.

Lemma inet_contact id sa s r : plain_address sa -> inet_nodes (s_nodes s) -> add_contact id sa s = Ok r ->
  inet_nodes (s_nodes (snd r)).
Proof.
  intros Hsa Hs. unfold add_contact. destruct sa as [|a| | |]; try done. cbn [new_node sa_copy mbind res_bind].
  set (n := mkNode _ _ _ _ _ _). assert (He : inet_nodes (snd (emplace (m_target s) n (s_nodes s)))).
  { revert Hs. generalize (s_nodes s) as l. induction l as [|m l IH]; intros Hl; cbn [emplace]; [by repeat constructor|].
    apply Forall_cons in Hl as [Hm Hl]. specialize (IH Hl). destruct (emplace (m_target s) n l) as [b l'].
    destruct (is_closer (n_id m) (n_id n) (m_target s)); [by constructor|].
    destruct (is_closer (n_id n) (n_id m) (m_target s)); by repeat constructor. }
  destruct (emplace (m_target s) n (s_nodes s)) as [[] l]; by intros [= <-].
Qed.

Lemma inet_get_contact s r : inet_nodes (s_nodes s) -> get_contact s = Ok r -> inet_nodes (s_nodes (snd r)).
Proof.
  intros Hs. unfold get_contact. case_match; [by intros [= <-]|].
  assert (H1 : inet_nodes (s_nodes (if m_restart s then trim false s else s))).
  { destruct (m_restart s); [|done]. by eapply inet_sublist; [apply trim_sublist|]. }
  destruct (m_next _) as [id|]; [|by intros [= <-]]. destruct (node_of id _); [|done]. intros [= <-].
  eapply inet_same; [|exact H1]. by apply change_addresses.
Qed.

Lemma inet_node_status now id success s s' : inet_nodes (s_nodes s) -> node_status now id success s = Ok s' ->
  inet_nodes (s_nodes s').
Proof.
  unfold node_status. intros Hs E. res_inv. eapply inet_same; [|exact Hs]. apply change_addresses. by destruct success.
Qed.

Lemma inet_start_announce s r : inet_nodes (s_nodes s) -> start_announce s = Ok r -> inet_nodes (s_nodes (snd r)).
Proof.
  intros Hs. unfold start_announce. assert (H1 : inet_nodes (s_nodes (trim true s))) by (by eapply inet_sublist; [apply trim_sublist|]).
  destruct (s_nodes (trim true s)) as [|n l] eqn:El; [intros [= <-]; cbn [snd]; by rewrite El|]. intros E. res_inv. cbn [snd with_nodes s_nodes with_counts].
  eapply inet_same; [|rewrite <- El in H1; exact H1]. unfold same_addresses. by rewrite <- list_fmap_compose.
Qed.

Lemma aged_ids l k : aged l k -> ids l = ids k.
Proof. induction 1 as [|n m l k [E _] _ IH]; [done|]. cbn. by f_equal. Qed.

Lemma aged_change id f l : (forall n, n_id (f n) = n_id n /\ node_uncontacted (f n) = false) -> aged l (change_node id f l).
Proof. intros Hf. unfold aged, change_node. induction l as [|n l IH]; constructor; [|done]. destruct (Hf n). by case_bool_decide. Qed.

Lemma aged_elem l k n : aged l k -> n ∈ l -> exists m, m ∈ k /\ n_id m = n_id n /\ (node_uncontacted n = false -> node_uncontacted m = false).
Proof.
  intros Hl Hn. apply list_elem_of_lookup in Hn as [i Hi]. destruct (Forall2_lookup_l _ _ _ _ _ Hl Hi) as (m & Hm & E & Hu).
  exists m. split; [by eapply list_elem_of_lookup_2|done].
Qed.

Lemma aged_elem_r l k m : aged l k -> m ∈ k -> node_uncontacted m = true -> exists n, n ∈ l /\ n_id n = n_id m /\ node_uncontacted n = true.
Proof.
  intros Hl Hm Hum. apply list_elem_of_lookup in Hm as [i Hi]. destruct (Forall2_lookup_r _ _ _ _ _ Hl Hi) as (n & Hn & E & Hu).
  exists n. split; [by eapply list_elem_of_lookup_2|]. split; [done|]. destruct (node_uncontacted n); [done|]. rewrite Hu in Hum by done. done.
Qed.

Lemma known_aged t l k x : aged l k -> known t l x -> known t k x.
Proof.
  intros Ha [(n & Hn & E & Hu)|Hc].
  - destruct (aged_elem _ _ _ Ha Hn) as (m & Hm & Em & Hum). left. exists m. split_and!; [done|congruence|by apply Hum].
  - right. by rewrite <- (closer_nodes_ids _ _ _ _ (aged_ids _ _ Ha)).
Qed.

Lemma asked_aged s s' asked : asked_ok s asked -> m_target s' = m_target s -> m_restart s' = m_restart s -> aged (s_nodes s) (s_nodes s') ->
  asked_ok s' asked.
Proof.
  intros [A1 A2 A3] Et Er Ha. split; [done| |]; rewrite Et.
  - eapply Forall_impl; [done|]. intros x. by apply known_aged.
  - rewrite Er. intros Hr. specialize (A3 Hr). rewrite Forall_forall in *. intros m Hm Hum.
    destruct (aged_elem_r _ _ _ Ha Hm Hum) as (n & Hn & En & Hun). rewrite <- (closer_nodes_ids _ _ _ _ (aged_ids _ _ Ha)), <- En. by apply A3.
Qed.

Lemma asked_take s asked opens st id : ok s opens st -> asked_ok s asked -> m_restart s = false -> m_next s = Some id ->
  asked_ok (take_next id s) (asked ++ [id]).
Proof.
  intros Hok Hak Hr Hn. assert (Ha : asked_ok (take_next id s) asked).
  { eapply asked_aged; [done|done|done|]. by apply aged_change. }
  pose proof (by_distance_nodup _ _ (ok_sorted _ _ _ Hok)) as Hnd.
  rewrite (ok_next _ _ _ Hok Hr) in Hn. apply first_uncontacted_split in Hn as (l1 & n & l2 & El & Eid & Hu & _).
  assert (Hin : n ∈ s_nodes s) by (rewrite El; apply elem_of_app; right; by left).
  assert (Hnew : id ∉ asked).
  { intros Hx. destruct Hak as [A1 A2 A3]. rewrite Forall_forall in A2. destruct (A2 id Hx) as [(n' & Hn' & E' & Hu')|Hc].
    - assert (n' = n); [|congruence]. apply list_elem_of_lookup in Hn' as [i Hi]. apply list_elem_of_lookup in Hin as [j Hj].
      assert (i = j); [|congruence]. eapply (NoDup_lookup (ids (s_nodes s))); [done| |]; unfold ids; rewrite list_lookup_fmap.
      + by rewrite Hi; cbn; rewrite E'.
      + rewrite Hj. cbn. by rewrite Eid.
    - specialize (A3 Hr). rewrite Forall_forall in A3. specialize (A3 n Hin Hu). rewrite Eid in A3. lia. }
  destruct Ha as [A1 A2 A3]. split; [|apply Forall_app; split; [done|]|done].
  - apply NoDup_app. split_and!; [done| |apply NoDup_singleton]. intros y Hy ->%list_elem_of_singleton. done.
  - constructor; [|done]. left. destruct (node_split id (s_nodes s) Hnd) as (k1 & n1 & k2 & Ek & En1 & _ & _ & H3 & _).
    { rewrite El, node_ids_app, elem_of_app. right. cbn. rewrite Eid. by left. }
    exists (set_node_active n1 true). split; [|done]. cbn [take_next with_next with_counts with_nodes s_nodes]. rewrite H3.
    apply elem_of_app. right. by left.
Qed.

(** ** Nodes that are left to ask *)

Definition uncontacted (l : list DhtNode) : nat := length (filter (fun n => node_uncontacted n = true) l).

Lemma uncontacted_sublist l k : sublist l k -> (uncontacted l <= uncontacted k)%nat.
Proof. induction 1 as [|n l k _ IH|n l k _ IH]; [done| |]; unfold uncontacted in *; rewrite ?filter_cons; repeat case_decide; cbn; lia. Qed.
Lemma uncontacted_aged l k : aged l k -> (uncontacted k <= uncontacted l)%nat.
Proof.
  induction 1 as [|n m l k [_ Hu] _ IH]; [done|]. unfold uncontacted in *. rewrite !filter_cons.
  destruct (node_uncontacted n), (node_uncontacted m); repeat case_decide; cbn; try lia; try congruence.
Qed.

Lemma uncontacted_take s opens st id : ok s opens st -> m_restart s = false -> m_next s = Some id ->
  (uncontacted (s_nodes (take_next id s)) < uncontacted (s_nodes s))%nat.
Proof.
  intros Hok Hr Hn. rewrite (ok_next _ _ _ Hok Hr) in Hn. apply first_uncontacted_split in Hn as (l1 & n & l2 & El & Eid & Hu & _).
  pose proof (by_distance_nodup _ _ (ok_sorted _ _ _ Hok)) as Hnd.
  destruct (node_split id (s_nodes s) Hnd) as (k1 & m & k2 & Ek & Em & _ & _ & H3 & _).
  { rewrite El, node_ids_app, elem_of_app. right. cbn. rewrite Eid. by left. }
  rewrite El in Ek. destruct (split_unique l1 n l2 k1 m k2) as (<- & <- & <-); [by rewrite <- El|done|congruence|].
  cbn [take_next with_next with_counts with_nodes s_nodes]. rewrite H3, El. unfold uncontacted.
  rewrite !filter_app, !length_app, !filter_cons, (decide_True _ _ Hu), decide_False by done. cbn. lia.
Qed.

(** [get_contact] asks the closest node that was not contacted, never one a
    second time, and leaves fewer to ask. *)
Lemma get_contact_asked s opens st asked r s' : ok s opens st -> asked_ok s asked -> get_contact s = Ok (r, s') ->
  match r with
  | None => asked_ok s' asked /\ (uncontacted (s_nodes s') <= uncontacted (s_nodes s))%nat
  | Some id => asked_ok s' (asked ++ [id]) /\ (uncontacted (s_nodes s') < uncontacted (s_nodes s))%nat
  end.
Proof.
  intros Hok Hak. unfold get_contact. case_match; [by intros [= <- <-]|]. set (s1 := if m_restart s then trim false s else s).
  assert (H1 : ok s1 opens st /\ m_restart s1 = false /\ asked_ok s1 asked /\ (uncontacted (s_nodes s1) <= uncontacted (s_nodes s))%nat).
  { unfold s1. destruct (m_restart s) eqn:Er; [|done]. split_and!; [by apply trim_ok|done| |apply uncontacted_sublist, trim_sublist].
    destruct Hak as [A1 A2 A3]. pose proof (ok_sorted _ _ _ Hok) as Hs. split; [done| |].
    - eapply Forall_impl; [done|]. intros x. by apply trim_known.
    - intros _. exact (trim_near s Hs). }
  destruct H1 as (H1 & Hr & H2 & Hu). clearbody s1. destruct (m_next s1) as [id|] eqn:En; [|by intros [= <- <-]].
  destruct (node_of id (s_nodes s1)); [|done]. intros [= <- <-]. split; [by eapply asked_take|].
  pose proof (uncontacted_take s1 opens st id H1 Hr En). lia.
Qed.

Lemma add_contact_asked id sa s opens st asked added s' : ok s opens st -> is_hash id -> plain_address sa ->
  zlen (s_nodes s) < 2 ^ 31 - 1 -> asked_ok s asked -> add_contact id sa s = Ok (added, s') -> asked_ok s' asked.
Proof.
  intros Hok Hid Hsa Hz [A1 A2 A3] E. destruct (add_contact_ok id sa s opens st Hok Hid Hsa Hz) as (a & s1 & E1 & _ & Et & _ & _ & _ & Hf & Hs).
  rewrite E in E1. injection E1 as <- <-. destruct added; [|by rewrite Hf].
  split; [done| |].
  - rewrite Et. eapply Forall_impl; [done|]. intros x. by apply known_sublist.
  - unfold add_contact in E. res_inv. destruct (emplace _ _ _) as [[] l]; [|done]. by simplify_eq.
Qed.

Lemma node_status_aged now id success s s' : node_status now id success s = Ok s' ->
  aged (s_nodes s) (s_nodes s') /\ m_target s' = m_target s /\ m_restart s' = m_restart s.
Proof. unfold node_status. intros E. res_inv. split; [|done]. cbn. apply aged_change. intros n. by destruct success. Qed.

Lemma ok_perm s o o' st : o ≡ₚ o' -> ok s o st -> ok s o' st.
Proof.
  intros Hp [O1 O2 O3 O4 O5 O6 O7 O8 O9 O10]. assert (zlen o = zlen o') by (unfold zlen; by rewrite Hp).
  split; try done; [by rewrite <- Hp|congruence|congruence|congruence].
Qed.
Lemma ok_concurrency_set s o st st' : ok s o st -> 0 <= st' <= zlen o -> zlen o <= 3 + st' -> ok (with_concurrency s (3 + st')) o st'.
Proof. by intros []. Qed.
Lemma asked_concurrency s c asked : asked_ok s asked -> asked_ok (with_concurrency s c) asked.
Proof. by intros []. Qed.

(** ** The contacts a search starts with *)

Definition node_plain (nodes : NodeMap) (id : bytes) : Prop :=
  exists n, nodes !! id = Some n /\ is_hash (n_id n) /\ plain_address (m_socket_address n).

(** A search that has room for the nodes that are needed. *)
Definition roomy (a b : Z) (s : DhtSearch) : Prop := zlen (s_nodes s) + Z.max 0 a + Z.max 0 b < 2 ^ 31 - 1.

Lemma add_bucket_ok nodes l a b s opens st asked : Forall (node_plain nodes) l -> ok s opens st -> asked_ok s asked -> roomy a b s ->
  exists a' b' s', add_bucket nodes l a b s = Ok (a', b', s') /\ ok s' opens st /\ asked_ok s' asked /\ roomy a' b' s'.
Proof.
  intros Hl. revert a b s. induction Hl as [|id l (n & En & Hid & Hsa) _ IH]; intros a b s Hok Hak Hz; cbn [add_bucket]; [by exists a, b, s|].
  destruct ((0 <? a) || (0 <? b)) eqn:Hgo; [|by exists a, b, s]. unfold get_node. rewrite En. cbn [of_deref mbind res_bind].
  destruct (negb (is_bad n) || (0 <? a)) eqn:Hadd; [|by apply IH].
  destruct (add_contact_ok (n_id n) (m_socket_address n) s opens st Hok Hid Hsa) as (ad & s1 & E & H1 & _ & _ & _ & Hz1 & Hf & _); [unfold roomy in Hz; lia|].
  pose proof (add_contact_asked _ _ s opens st asked ad s1 Hok Hid Hsa ltac:(unfold roomy in Hz; lia) Hak E) as K1. rewrite E. cbn [mbind res_bind].
  destruct ad; apply IH; try done; [|by rewrite Hf]. unfold roomy in *.
  apply orb_true_iff in Hgo. rewrite !Z.ltb_lt in Hgo. destruct (is_bad n); cbn [negb b2z orb] in *; [bool_prop; lia|lia].
Qed.

Lemma inet_bucket nodes l a b s r : Forall (node_plain nodes) l -> inet_nodes (s_nodes s) ->
  add_bucket nodes l a b s = Ok r -> inet_nodes (s_nodes (snd r)).
Proof.
  intros Hl. revert a b s. induction Hl as [|id l (n & En & Hid & Hsa) _ IH]; intros a b s Hs; cbn [add_bucket]; [by intros [= <-]|].
  destruct ((0 <? a) || (0 <? b)); [|by intros [= <-]]. unfold get_node. rewrite En. cbn [of_deref mbind res_bind].
  destruct (negb (is_bad n) || (0 <? a)); [|by apply IH].
  destruct (add_contact (n_id n) (m_socket_address n) s) as [[ad s1]| |] eqn:E; cbn [mbind res_bind]; [|done..].
  pose proof (inet_contact _ _ _ _ Hsa Hs E) as H1. destruct ad; by apply IH.
Qed.

Definition bucket_nodes_plain (nodes : NodeMap) (buckets : BucketMap) (h : nat) : Prop :=
  exists b, buckets !! h = Some b /\ Forall (node_plain nodes) (b_nodes b).

Lemma add_chain_ok nodes buckets c vs fuel a b s opens st asked : visits buckets c vs -> Forall (bucket_nodes_plain nodes buckets) vs ->
  (length vs <= fuel)%nat -> ok s opens st -> asked_ok s asked -> roomy a b s ->
  exists s', add_chain fuel nodes buckets c a b s = Ok s' /\ ok s' opens st /\ asked_ok s' asked.
Proof.
  intros Hv. revert fuel a b s. induction Hv as [c Hc|c c' vs Hc Hv IH]; intros [|fuel] a b s Hb Hf Hok Hak Hz; try (cbn in Hf; lia);
    apply Forall_cons in Hb as [(bk & Ebk & Hbk) Hb]; cbn [add_chain]; unfold get_bucket; rewrite Ebk; cbn [of_deref mbind res_bind];
    destruct (add_bucket_ok nodes (b_nodes bk) a b s opens st asked Hbk Hok Hak Hz) as (a' & b' & s' & -> & F1 & F2 & F3); cbn [mbind res_bind];
    (destruct ((0 <? a') || (0 <? b')); [|by exists s']); rewrite Hc; cbn [mbind res_bind].
  - by exists s'.
  - apply IH; try done. cbn in Hf. lia.
Qed.

Lemma add_contacts_ok nodes buckets h vs announce t : is_hash t -> visits buckets (mkChain (Some h) h) vs ->
  Forall (bucket_nodes_plain nodes buckets) vs -> (length vs <= base.size buckets)%nat ->
  exists s, add_contacts nodes buckets h (new_search announce t) = Ok s /\ ok s [] 0 /\ asked_ok s [].
Proof.
  intros Ht Hv Hb Hf. unfold add_contacts. refine (add_chain_ok _ _ _ vs _ _ _ _ _ _ _ Hv Hb Hf (new_search_ok announce t Ht) _ _).
  - split; [constructor|constructor|]. intros _. constructor.
  - done.
Qed.

Lemma inet_chain nodes buckets c vs fuel a b s s' : visits buckets c vs -> Forall (bucket_nodes_plain nodes buckets) vs ->
  inet_nodes (s_nodes s) -> add_chain fuel nodes buckets c a b s = Ok s' -> inet_nodes (s_nodes s').
Proof.
  intros Hv. revert fuel a b s. induction Hv as [c Hc|c c' vs Hc Hv IH]; intros [|fuel] a b s Hb Hs; try done;
    apply Forall_cons in Hb as [(bk & Ebk & Hbk) Hb]; cbn [add_chain]; unfold get_bucket; rewrite Ebk; cbn [of_deref mbind res_bind];
    (destruct (add_bucket nodes (b_nodes bk) a b s) as [[[a' b'] s1]| |] eqn:E; cbn [mbind res_bind]; [|done..]);
    pose proof (inet_bucket _ _ _ _ _ _ Hbk Hs E) as H1; cbn [snd] in H1;
    (destruct ((0 <? a') || (0 <? b')); [|by intros [= <-]]); rewrite Hc; cbn [mbind res_bind].
  - by intros [= <-].
  - by apply IH.
Qed.

(** ** The closest first *)

Lemma first_uncontacted_or l k : first_uncontacted (l ++ k) = match first_uncontacted l with Some x => Some x | None => first_uncontacted k end.
Proof. induction l as [|n l IH]; [done|]. cbn. by destruct (node_uncontacted n). Qed.
Lemma first_uncontacted_none l : first_uncontacted l = None <-> Forall (fun n => node_uncontacted n = false) l.
Proof.
  induction l as [|n l IH]; [done|]. cbn. rewrite Forall_cons. destruct (node_uncontacted n); [split; [done|by intros [? _]]|].
  rewrite IH. by split; [|intros [_ ?]].
Qed.

(** Trimming leaves the choice to the nearest nodes. *)
Lemma trim_first s : m_next (trim false s) = first_uncontacted (take 18 (s_nodes s)).
Proof.
  cbn [trim with_restart with_next m_next]. destruct (trim_keeps_front (s_nodes s) 18 (if is_announce s then max_announce else 0)) as [b' E].
  change (Z.of_nat 18) with max_contacts in E. rewrite E, first_uncontacted_or.
  rewrite (proj2 (first_uncontacted_none (trim_loop (drop 18 (s_nodes s)) 0 b'))); [by destruct (first_uncontacted (take 18 _))|]. by apply trim_final_contacted.
Qed.

(** C13: While fewer queries are under way than the limit, a search asks the
    closest of the nodes it has not asked; it asks none only when its eighteen
    closest nodes were all asked. *)
Theorem search_asks_closest s opens st r s' : ok s opens st -> m_pending s < m_concurrency s -> get_contact s = Ok (r, s') ->
  match r with
  | Some id => exists n, n ∈ s_nodes s /\ n_id n = id /\ node_uncontacted n = true /\
      Forall (fun m => node_uncontacted m = true -> distance id (m_target s) <= distance (n_id m) (m_target s)) (s_nodes s)
  | None => Forall (fun n => node_uncontacted n = false) (take 18 (s_nodes s))
  end.
Proof.
  intros Hok Hlt. unfold get_contact. rewrite (proj2 (Z.leb_gt (m_concurrency s) (m_pending s))) by lia.
  set (s1 := if m_restart s then trim false s else s).
  assert (Hn : match m_next s1 with Some id => first_uncontacted (s_nodes s) = Some id
               | None => first_uncontacted (take 18 (s_nodes s)) = None end).
  { unfold s1. destruct (m_restart s) eqn:Er.
    - rewrite trim_first. destruct (first_uncontacted (take 18 (s_nodes s))) as [id|] eqn:E; [|done].
      rewrite <- (take_drop 18 (s_nodes s)), first_uncontacted_or. by rewrite E.
    - rewrite (ok_next _ _ _ Hok Er). destruct (first_uncontacted (s_nodes s)) as [id|] eqn:E; [done|].
      apply first_uncontacted_none. apply first_uncontacted_none in E. by apply Forall_take. }
  clearbody s1. destruct (m_next s1) as [id|]; [|intros [= <- <-]; by apply first_uncontacted_none].
  destruct (node_of id (s_nodes s1)); [|done]. intros [= <- <-].
  apply first_uncontacted_split in Hn as (l1 & n & l2 & El & Eid & Hu & Hl1). exists n.
  split; [rewrite El; apply elem_of_app; right; by left|]. split; [done|]. split; [done|].
  pose proof (ok_sorted _ _ _ Hok) as Hs. rewrite El in *. unfold by_distance in Hs. rewrite node_ids_app in Hs.
  apply StronglySorted_app in Hs as (_ & _ & Hs). cbn in Hs. apply StronglySorted_inv in Hs as [_ Hs].
  apply Forall_app. split; [eapply Forall_impl; [exact Hl1|]; congruence|]. constructor; [intros _; rewrite Eid; lia|].
  rewrite Forall_forall in Hs. rewrite Forall_forall. intros m Hm _. rewrite <- Eid. specialize (Hs (n_id m) ltac:(by apply list_elem_of_fmap_2)). lia.
Qed.

End DhtSearch.

Module DhtTransaction.
Import SocketAddress DhtNode DhtSearch.

(** ** Keys *)

Section host.
Context `{ByteOrder}.

Definition key (sa : sockaddr) (id : Z) : res Z :=
  match sa with
  | AF_INET s => Ok (u64 (Z.shiftl (sin_addr s) 32 + id))
  | _ => Throw internal_error
  end.
Definition key_match (k : Z) (sa : sockaddr) : res bool :=
  match sa with
  | AF_INET s => Ok (Z.shiftr k 32 =? sin_addr s)
  | _ => Throw internal_error
  end.
End host.

(** The keys of the transactions are sorted; [lower_bound] as what follows it. *)
Fixpoint lower_bound (k : Z) (l : list Z) : list Z :=
  match l with
  | [] => []
  | x :: l' => if x <? k then lower_bound k l' else l
  end.

(** The loop of [add_transaction] that looks for an unused number; [base] is
    the key of number 0.  There are 256 numbers. *)
Fixpoint pick_loop (fuel : nat) (base : Z) (keys : list Z) (rnd id : Z) (itr : list Z) : option Z :=
  match fuel with
  | O => None
  | S fuel =>
      match itr with
      | k :: itr' =>
          if k =? base + id then
            let id := u8 (id + 1) in
            if id =? rnd then None
            else pick_loop fuel base keys rnd id (if id =? 0 then lower_bound (base + id) keys else itr')
          else Some id
      | [] => Some id
      end
  end.
Definition pick_id (base : Z) (keys : list Z) (rnd : Z) : option Z :=
  pick_loop 256 base keys rnd rnd (lower_bound (base + rnd) keys).

(** ** Queries of a search *)

Inductive transaction_type := DHT_FIND_NODE | DHT_GET_PEERS.

#[global] Instance transaction_type_eq_dec : EqDecision transaction_type.
Proof. solve_decision. Defined.

(** [m_node] is [None] once the query is complete. *)
Record DhtTransactionSearch := mkTx {
  t_type : transaction_type;
  t_id : bytes;
  m_node : option bytes;
  m_hasQuickTimeout : bool
}.

Definition quick_timeout (t : transaction_type) : Z := match t with DHT_FIND_NODE => 4 | DHT_GET_PEERS => -1 end.

Definition new_transaction (ty : transaction_type) (node : bytes) (s : DhtSearch) : res (DhtTransactionSearch * DhtSearch) :=
  n ← of_deref (node_of node (s_nodes s));
  let quick := 0 <? quick_timeout ty in
  Ok (mkTx ty (n_id n) (Some node) quick, if quick then s else with_concurrency s (u32 (m_concurrency s + 1))).

Definition set_stalled (t : DhtTransactionSearch) (s : DhtSearch) : res (DhtTransactionSearch * DhtSearch) :=
  _ ← throw_when (negb (m_hasQuickTimeout t)) internal_error;
  Ok (mkTx (t_type t) (t_id t) (m_node t) false, with_concurrency s (u32 (m_concurrency s + 1))).

(** The node belongs to the search of the query. *)
Definition complete (now : Z) (success : bool) (t : DhtTransactionSearch) (s : DhtSearch)
    : res (DhtTransactionSearch * DhtSearch) :=
  match m_node t with
  | None => Throw internal_error
  | Some id =>
      let s := if m_hasQuickTimeout t then s else with_concurrency s (u32 (m_concurrency s - 1)) in
      s ← node_status now id success s;
      Ok (mkTx (t_type t) (t_id t) None (m_hasQuickTimeout t), s)
  end.

(** The destructor, less what it asks of the server. *)
Definition destroy (now : Z) (t : DhtTransactionSearch) (s : DhtSearch) : res DhtSearch :=
  match m_node t with
  | None => Ok s
  | Some _ => '(_, s) ← complete now false t s; Ok s
  end.

(** ** Numbers of transactions *)

(** The numbers in the order in which they are tried. *)
Definition numbers (rnd : Z) : list Z := (fun j => u8 (rnd + Z.of_nat j)) <$> seq 0 256.
Definition first_free (base : Z) (keys : list Z) (l : list Z) : option Z :=
  list_find (fun id => base + id ∉ keys) l ≫= fun p => Some (snd p).

Lemma lower_bound_head k l : StronglySorted Z.lt l -> (exists l', lower_bound k l = k :: l' /\ l' = lower_bound (k + 1) l) /\ k ∈ l \/
  (forall l', lower_bound k l <> k :: l') /\ (k ∉ l).
Proof.
  induction l as [|x l IH]; intros Hs; cbn [lower_bound].
  { right. split; [done|apply not_elem_of_nil]. }
  apply StronglySorted_inv in Hs as [Hs Hx]. rewrite Forall_forall in Hx. destruct (Z.ltb_spec x k) as [Hlt|Hge].
  - rewrite (proj2 (Z.ltb_lt x (k + 1))) by lia. destruct (IH Hs) as [[(l' & E & El) Hin]|[Hn Hni]].
    + left. split; [by exists l'|by right].
    + right. split; [done|]. intros [E|E]%elem_of_cons; [lia|done].
  - destruct (decide (x = k)) as [->|Hne].
    + left. split; [|by left]. exists l. split; [done|]. rewrite (proj2 (Z.ltb_lt k (k + 1))) by lia.
      destruct l as [|y l]; [done|]. cbn [lower_bound]. rewrite (proj2 (Z.ltb_ge y (k + 1))); [done|]. specialize (Hx y ltac:(by left)). lia.
    + right. split; [intros l' [= E _]; done|]. intros [E|E]%elem_of_cons; [done|]. specialize (Hx k E). lia.
Qed.

Lemma first_free_cons base keys id l : first_free base keys (id :: l) =
  if decide (base + id ∈ keys) then first_free base keys l else Some id.
Proof.
  unfold first_free. cbn [list_find]. case_decide as H1; case_decide as H2; try done. by destruct (list_find _ l) as [[]|].
Qed.

Lemma pick_loop_spec base keys rnd fuel j : StronglySorted Z.lt keys -> 0 <= rnd < 256 -> (j + fuel = 256)%nat ->
  pick_loop fuel base keys rnd (u8 (rnd + Z.of_nat j)) (lower_bound (base + u8 (rnd + Z.of_nat j)) keys) =
  first_free base keys ((fun j => u8 (rnd + Z.of_nat j)) <$> seq j fuel).
Proof.
  intros Hs Hr. revert j. induction fuel as [|fuel IH]; intros j Hj; [done|]. cbn [pick_loop seq fmap list_fmap].
  set (id := u8 (rnd + Z.of_nat j)). rewrite first_free_cons. specialize (IH (S j) ltac:(lia)).
  assert (Hnext : u8 (id + 1) = u8 (rnd + Z.of_nat (S j))).
  { unfold id, u8. rewrite Zplus_mod_idemp_l. f_equal. lia. }
  destruct (lower_bound_head (base + id) keys Hs) as [[(l' & -> & El) Hin]|[Hn Hni]].
  - rewrite Z.eqb_refl, (decide_True _ _ Hin), Hnext. destruct (Z.eqb_spec (u8 (rnd + Z.of_nat (S j))) rnd) as [E|E].
    + assert (fuel = 0%nat) as ->; [|done]. destruct (decide (fuel = 0%nat)); [done|]. exfalso. unfold u8 in E.
      change (2 ^ 8) with 256 in E. destruct (Z_lt_le_dec (rnd + Z.of_nat (S j)) 256) as [Hlt|Hge]; [rewrite Z.mod_small in E; lia|].
      replace (rnd + Z.of_nat (S j)) with (rnd + Z.of_nat (S j) - 256 + 1 * 256) in E by lia.
      rewrite Z.mod_add, Z.mod_small in E; lia.
    + rewrite <- IH. destruct (Z.eqb_spec (u8 (rnd + Z.of_nat (S j))) 0) as [|Hz]; [done|]. f_equal. rewrite El. f_equal. rewrite <- Hnext in *.
      assert (Hid := u8_range (rnd + Z.of_nat j)). fold id in Hid. assert (id <> 255) by (intros E255; by rewrite E255 in Hz).
      rewrite u8_small; lia.
  - rewrite (decide_False _ _ Hni). destruct (lower_bound (base + id) keys) as [|k l']; [done|].
    destruct (Z.eqb_spec k (base + id)) as [->|]; [|done]. by destruct (Hn l').
Qed.

(** A new query gets the first number, from a random one on and around,
    that no transaction with the same address has; there is none only if all
    256 are taken. *)
Theorem first_free_number base keys rnd : StronglySorted Z.lt keys -> 0 <= rnd < 256 ->
  pick_id base keys rnd = first_free base keys (numbers rnd).
Proof.
  intros Hs Hr. unfold pick_id, numbers. pose proof (pick_loop_spec base keys rnd 256 0 Hs Hr eq_refl) as E.
  rewrite Z.add_0_r, (u8_small rnd) in E by lia. exact E.
Qed.

End DhtTransaction.

(** ** A search and its queries *)

Module SearchActivity.
Import SocketAddress HashString DhtNode DhtSearch DhtTransaction.

(** What an announce tells its tracker. *)
Inductive tracker_event :=
| set_dht_announce_state
| receive_progress (replied contacted : Z)
| receive_peers (peers : bytes).

(** The search, its queries in the order they were made, whether the server
    holds it in [m_searches], the nodes asked so far and what the tracker was
    told. *)
Record Activity := mkActivity {
  a_search : DhtSearch;
  a_queries : list DhtTransactionSearch;
  a_listed : bool;
  a_asked : list bytes;
  a_events : list tracker_event
}.

Definition with_search (a : Activity) (s : DhtSearch) : Activity :=
  mkActivity s (a_queries a) (a_listed a) (a_asked a) (a_events a).
Definition with_queries (a : Activity) (l : list DhtTransactionSearch) : Activity :=
  mkActivity (a_search a) l (a_listed a) (a_asked a) (a_events a).
Definition add_asked (a : Activity) (id : bytes) : Activity :=
  mkActivity (a_search a) (a_queries a) (a_listed a) (a_asked a ++ [id]) (a_events a).
Definition add_event (a : Activity) (e : tracker_event) : Activity :=
  mkActivity (a_search a) (a_queries a) (a_listed a) (a_asked a) (a_events a ++ [e]).
Definition with_listed (a : Activity) (b : bool) : Activity :=
  mkActivity (a_search a) (a_queries a) b (a_asked a) (a_events a).

(** How the handling of a packet ends. *)
Inductive outcome := Handled | Raised_dht_error.

Section server.
Context `{ByteOrder}.
Variable now : Z.
(** Whether the server has a number left for a query to a node. *)
Variable has_number : bytes -> bool.

(** [check_search_completed]: a search that is complete leaves [m_searches]. *)
Definition check_search_completed (a : Activity) : Activity :=
  if DhtSearch.complete (a_search a) then with_listed a false else a.

(** The end of a query that is not, or no longer, in the table. *)
Definition end_query (t : DhtTransactionSearch) (a : Activity) : res Activity :=
  s ← destroy now t (a_search a); Ok (check_search_completed (with_search a s)).

(** [add_transaction] of a new query to a node; without a number for it the
    query ends at once, and a node whose address is not IPv4 has no key. *)
Definition add_query (ty : transaction_type) (node : bytes) (a : Activity) : res Activity :=
  '(t, s) ← new_transaction ty node (a_search a);
  let a := with_search a s in
  n ← of_deref (node_of node (s_nodes s));
  _ ← key (m_socket_address n) 0;
  if has_number node then Ok (with_queries a (a_queries a ++ [t])) else end_query t a.

(** Asking nodes until [get_contact] has none; every round contacts a node
    that was not contacted. *)
Fixpoint ask_loop (fuel : nat) (a : Activity) : res Activity :=
  match fuel with
  | O => UB
  | S fuel =>
      '(n, s) ← get_contact (a_search a);
      let a := with_search a s in
      match n with
      | None => Ok a
      | Some id => a ← add_query DHT_FIND_NODE id (add_asked a id); ask_loop fuel a
      end
  end.
Definition ask (a : Activity) : res Activity := ask_loop (S (length (s_nodes (a_search a)))) a.

(** [update_status] of an announce. *)
Definition update_status (a : Activity) : Activity :=
  add_event a (receive_progress (m_replied (a_search a)) (m_contacted (a_search a))).

(** [find_node] and [announce] of the server, from a bucket. *)
Definition begin (announce : bool) (target : bytes) (nodes : NodeMap) (buckets : DhtBucket.BucketMap) (h : nat)
    : res Activity :=
  s ← add_contacts nodes buckets h (new_search announce target);
  a ← ask (mkActivity s [] false [] []);
  let '(started, s) := start (a_search a) in
  let a := with_search a s in
  if negb started then Ok a
  else let a := with_listed a true in Ok (if announce then update_status a else a).

(** The queries for peers once the search is complete. *)
Fixpoint get_peers_loop (ids : list bytes) (a : Activity) : res Activity :=
  match ids with
  | [] => Ok a
  | id :: ids => a ← add_query DHT_GET_PEERS id a; get_peers_loop ids a
  end.

Definition find_node_next (a : Activity) : res Activity :=
  a ← ask a;
  if negb (is_announce (a_search a)) then Ok a
  else
    a ← (if DhtSearch.complete (a_search a) then
           '(ids, s) ← start_announce (a_search a);
           let a := with_search a s in
           get_peers_loop ids (match ids with [] => a | _ => add_event a set_dht_announce_state end)
         else Ok a);
    Ok (update_status a).

(** [erase] of a query of the table. *)
Definition query_at (i : nat) (a : Activity) : res DhtTransactionSearch := of_deref (a_queries a !! i).
Definition erase_query (i : nat) (a : Activity) : res Activity :=
  t ← query_at i a; end_query t (with_queries a (delete i (a_queries a))).
Definition set_query (i : nat) (t : DhtTransactionSearch) (a : Activity) : Activity :=
  with_queries a (<[i := t]> (a_queries a)).

(** The nodes of a reply, twenty-six bytes each. *)
Definition node_info (s : bytes) : bytes * sockaddr := (take 20 s, AddressList.compact_entry (drop 20 s)).
Fixpoint node_infos (n : nat) (s : bytes) : list (bytes * sockaddr) :=
  match n with
  | O => []
  | S n => node_info (take 26 s) :: node_infos n (drop 26 s)
  end.
Definition compact_nodes (s : bytes) : list (bytes * sockaddr) := node_infos ((length s - length s `mod` 26) / 26) s.

(** The contacts of a reply, less the server's own node. *)
Fixpoint add_reply (own : bytes) (l : list (bytes * sockaddr)) (s : DhtSearch) : res DhtSearch :=
  match l with
  | [] => Ok s
  | (id, sa) :: l =>
      s ← (if bool_decide (id = own) then Ok s else '(_, s) ← add_contact id sa s; Ok s);
      add_reply own l s
  end.

(** [parse_find_node_reply] and [parse_get_peers_reply], and the end of the
    query after them. *)
Definition find_node_reply (own : bytes) (i : nat) (nodes : bytes) (a : Activity) : res Activity :=
  t ← query_at i a;
  '(t, s) ← DhtTransaction.complete now true t (a_search a);
  let a := set_query i t (with_search a s) in
  s ← add_reply own (compact_nodes nodes) (a_search a);
  a ← find_node_next (with_search a s);
  erase_query i a.

(** A token that is too long is a [dht_error] after the peers were taken;
    [process_response] takes the query out and throws it again.  The
    [announce_peer] query of a token that fits is not a query of the search,
    and is left out. *)
Definition get_peers_reply (i : nat) (peers : option bytes) (long_token : bool) (a : Activity) : res (outcome * Activity) :=
  t ← query_at i a;
  '(t, s) ← DhtTransaction.complete now true t (a_search a);
  let a := set_query i t (with_search a s) in
  let a := match peers with Some p => add_event a (receive_peers p) | None => a end in
  if long_token then a ← erase_query i a; Ok (Raised_dht_error, a)
  else a ← erase_query i (update_status a); Ok (Handled, a).

(** [failed_transaction], less the report to the router and the packet. *)
Definition failed_query (i : nat) (quick : bool) (a : Activity) : res Activity :=
  t ← query_at i a;
  a ← (match t_type t with
       | DHT_FIND_NODE =>
           '(t, s) ← (if quick then set_stalled t (a_search a) else DhtTransaction.complete now false t (a_search a));
           find_node_next (set_query i t (with_search a s))
       | DHT_GET_PEERS => Ok a
       end);
  if quick then Ok a else erase_query i a.

End server.

(** What may happen to a query; a reply that cannot be used cancels it. *)
Inductive event :=
| nodes_arrived (own : bytes) (i : nat) (nodes : bytes)
| peers_arrived (i : nat) (peers : option bytes) (long_token : bool)
| timed_out (i : nat) (quick : bool)
| cancelled (i : nat).

Definition handle `{ByteOrder} (now : Z) (has_number : bytes -> bool) (e : event) (a : Activity)
    : res (outcome * Activity) :=
  match e with
  | nodes_arrived own i nodes => a ← find_node_reply now has_number own i nodes a; Ok (Handled, a)
  | peers_arrived i peers long_token => get_peers_reply now i peers long_token a
  | timed_out i quick => a ← failed_query now has_number i quick a; Ok (Handled, a)
  | cancelled i => a ← erase_query now i a; Ok (Handled, a)
  end.

(** Only a token that is too long is answered with an error. *)
Definition outcome_of (e : event) : outcome :=
  match e with peers_arrived _ _ true => Raised_dht_error | _ => Handled end.

(** ** Every event is handled *)

Definition opens_of (l : list DhtTransactionSearch) : list bytes := omap m_node l.
Definition stalled_of (l : list DhtTransactionSearch) : list bytes :=
  omap (fun t => if m_hasQuickTimeout t then None else m_node t) l.

Lemma stalled_opens l : (length (stalled_of l) <= length (opens_of l))%nat.
Proof. induction l as [|t l IH]; [done|]. unfold stalled_of, opens_of in *. cbn. destruct (m_hasQuickTimeout t), (m_node t); cbn; lia. Qed.
Lemma opens_app l k : opens_of (l ++ k) = opens_of l ++ opens_of k.
Proof. apply omap_app. Qed.
Lemma stalled_app l k : stalled_of (l ++ k) = stalled_of l ++ stalled_of k.
Proof. apply omap_app. Qed.

(** [extra] are the nodes marked for queries that are still to be made. *)
Record going (extra : list bytes) (a : Activity) : Prop := {
  g_ok : ok (a_search a) (extra ++ opens_of (a_queries a)) (zlen (stalled_of (a_queries a)));
  g_quick : Forall (fun t => t_type t = DHT_GET_PEERS -> m_hasQuickTimeout t = false) (a_queries a);
  g_once : NoDup (a_asked a);
  g_inet : inet_nodes (s_nodes (a_search a))
}.

(** What asking does not change. *)
Definition same_search (a a' : Activity) : Prop :=
  m_target (a_search a') = m_target (a_search a) /\ is_announce (a_search a') = is_announce (a_search a) /\
  m_started (a_search a') = m_started (a_search a).

Lemma same_search_trans a b c : same_search a b -> same_search b c -> same_search a c.
Proof. unfold same_search. intros (-> & -> & ->) (-> & -> & ->). done. Qed.

Section Handling.
Context `{ByteOrder}.
Variable now : Z.
Variable has_number : bytes -> bool.

Definition closed (t : DhtTransactionSearch) : DhtTransactionSearch := mkTx (t_type t) (t_id t) None (m_hasQuickTimeout t).

Lemma complete_ok success t id opens st s : m_node t = Some id ->
  ok s (id :: opens) ((if m_hasQuickTimeout t then 0 else 1) + st) -> 0 <= st <= zlen opens ->
  exists s', DhtTransaction.complete now success t s = Ok (closed t, s') /\ ok s' opens st /\ m_target s' = m_target s /\
    is_announce s' = is_announce s /\ m_started s' = m_started s /\ m_restart s' = m_restart s /\ aged (s_nodes s) (s_nodes s') /\
    (inet_nodes (s_nodes s) -> inet_nodes (s_nodes s')).
Proof.
  intros Ht Hok Hst. unfold DhtTransaction.complete. rewrite Ht.
  pose proof (ok_concurrency _ _ _ Hok) as Hc. pose proof (ok_opens_size _ _ _ Hok) as Hz. pose proof (ok_limit _ _ _ Hok) as Hlim.
  unfold zlen in Hz, Hlim, Hst. cbn [length] in Hz, Hlim.
  assert (Es : (if m_hasQuickTimeout t then s else with_concurrency s (u32 (m_concurrency s - 1))) = with_concurrency s (3 + st)).
  { destruct (m_hasQuickTimeout t); [destruct s; cbn in *; unfold with_concurrency; cbn; f_equal; lia|].
    f_equal. rewrite Hc, u32_small; lia. }
  rewrite Es. destruct (node_status_ok now id success s _ _ st Hok Hst) as (s' & E & Hok' & E1 & E2 & E3 & _).
  { unfold zlen. destruct (m_hasQuickTimeout t); lia. }
  rewrite E. cbn [mbind res_bind]. destruct (node_status_aged _ _ _ _ _ E) as (Ha & _ & Er). exists s'.
  split_and!; try done. intros Hi. by apply (inet_node_status now id success (with_concurrency s (3 + st)) s' Hi).
Qed.

(** The end of an open query that is in the table no longer. *)
Lemma end_query_ok t id extra a : m_node t = Some id ->
  ok (a_search a) (id :: extra ++ opens_of (a_queries a))
    ((if m_hasQuickTimeout t then 0 else 1) + zlen (stalled_of (a_queries a))) ->
  Forall (fun t => t_type t = DHT_GET_PEERS -> m_hasQuickTimeout t = false) (a_queries a) -> NoDup (a_asked a) ->
  inet_nodes (s_nodes (a_search a)) ->
  exists a', end_query now t a = Ok a' /\ going extra a' /\ same_search a a' /\ a_queries a' = a_queries a /\
    a_asked a' = a_asked a /\ aged (s_nodes (a_search a)) (s_nodes (a_search a')) /\ m_restart (a_search a') = m_restart (a_search a).
Proof.
  intros Ht Hok Hq Hn Hin. unfold end_query, destroy. rewrite Ht. pose proof (stalled_opens (a_queries a)) as Hso.
  destruct (complete_ok false t id _ _ (a_search a) Ht Hok) as (s' & -> & Hok' & E1 & E2 & E3 & Er & Ha & Hs').
  { unfold zlen. rewrite length_app. lia. }
  cbn [mbind res_bind]. eexists. split; [reflexivity|]. unfold check_search_completed. cbn [with_search a_search].
  destruct (DhtSearch.complete s'); split_and!; try done; by split; [..|apply Hs'].
Qed.

(** The queries that were made. *)
Definition made (ty : transaction_type) (l : list DhtTransactionSearch) : Prop :=
  Forall (fun t => t_type t = ty /\ is_Some (m_node t)) l.

Lemma node_of_opens s opens st id : ok s opens st -> id ∈ opens -> exists n, node_of id (s_nodes s) = Some n /\ n_id n = id.
Proof.
  intros Hok Hin. rewrite <- (ok_active _ _ _ Hok) in Hin.
  destruct (node_split id (s_nodes s)) as (l1 & n & l2 & _ & E & Hn & _); [by eapply by_distance_nodup, ok_sorted| |by exists n].
  eapply elem_of_submseteq; [done|apply active_ids_incl].
Qed.

Lemma node_of_elem id l n : node_of id l = Some n -> n ∈ l.
Proof. induction l as [|m l IH]; [done|]. cbn. case_bool_decide; [intros [= ->]; by left|]. intros Hn. right. by apply IH. Qed.

Lemma add_query_ok ty id extra a : going (id :: extra) a ->
  exists a' new, add_query now has_number ty id a = Ok a' /\ going extra a' /\ same_search a a' /\ a_queries a' = a_queries a ++ new /\
    made ty new /\ a_asked a' = a_asked a /\ aged (s_nodes (a_search a)) (s_nodes (a_search a')) /\
    m_restart (a_search a') = m_restart (a_search a).
Proof.
  intros [Hok Hq Hn Hin]. unfold add_query, new_transaction.
  destruct (node_of_opens _ _ _ id Hok) as (n & Hnode & Eid); [by left|]. rewrite Hnode. cbn [of_deref mbind res_bind].
  pose proof (ok_opens_size _ _ _ Hok) as Hz. pose proof (stalled_opens (a_queries a)) as Hso. pose proof (ok_limit _ _ _ Hok) as Hlim.
  set (quick := 0 <? quick_timeout ty). set (t := mkTx ty (n_id n) (Some id) quick).
  set (s1 := if quick then a_search a else with_concurrency (a_search a) (u32 (m_concurrency (a_search a) + 1))).
  assert (H1 : ok s1 (id :: extra ++ opens_of (a_queries a)) ((if quick then 0 else 1) + zlen (stalled_of (a_queries a)))).
  { unfold s1. destruct quick; [done|]. rewrite (ok_concurrency _ _ _ Hok). cbn [app] in *.
    rewrite u32_small by (unfold zlen in *; cbn [length] in *; rewrite length_app in *; lia).
    replace (3 + zlen (stalled_of (a_queries a)) + 1) with (3 + (1 + zlen (stalled_of (a_queries a)))) by lia.
    apply (ok_concurrency_set _ _ _ _ Hok); unfold zlen in *; cbn [length] in *; rewrite length_app in *; lia. }
  assert (E1 : s_nodes s1 = s_nodes (a_search a) /\ m_target s1 = m_target (a_search a) /\ is_announce s1 = is_announce (a_search a) /\
    m_started s1 = m_started (a_search a) /\ m_restart s1 = m_restart (a_search a)) by (unfold s1; by destruct quick).
  destruct E1 as (En & E1 & E2 & E3 & E4). clearbody s1. rewrite En, Hnode. cbn [of_deref mbind res_bind].
  assert (Hkey : exists k, key (m_socket_address n) 0 = Ok k).
  { assert (Hp : plain_address (m_socket_address n)); [|destruct (m_socket_address n); try done; by eexists].
    unfold inet_nodes in Hin. rewrite Forall_forall in Hin. by apply Hin, (node_of_elem id). }
  destruct Hkey as [k ->]. cbn [mbind res_bind]. destruct (has_number id).
  - eexists _, [t]. split; [reflexivity|]. split.
    + split; cbn [with_queries with_search a_search a_queries a_asked]; [|apply Forall_app; split; [done|]|done|by rewrite En].
      * rewrite opens_app, stalled_app. cbn. eapply ok_perm; [|].
        { instantiate (1 := id :: extra ++ opens_of (a_queries a)). rewrite app_assoc. apply Permutation_cons_append. }
        replace (zlen (stalled_of (a_queries a) ++ _)) with ((if quick then 0 else 1) + zlen (stalled_of (a_queries a))); [done|].
        unfold zlen. rewrite length_app. by destruct quick; cbn; lia.
      * constructor; [|done]. cbn. unfold quick. by intros ->.
    + split; [done|]. cbn [with_queries with_search a_search a_queries a_asked]. rewrite En, E4. split_and!; try done.
      * repeat constructor. by exists id.
      * clear. unfold aged. by induction (s_nodes (a_search a)); constructor.
  - destruct (end_query_ok t id extra (with_search a s1)) as (a' & E & Hg & Hsame & Eq & Ea & Hag & Er); [done| |done|done|cbn; by rewrite En|].
    { exact H1. }
    exists a', []. rewrite E, Eq, Ea. cbn [with_search a_search] in Hag, Er. rewrite En in Hag. rewrite app_nil_r.
    split_and!; try done; [|constructor|congruence]. by unfold same_search in *; cbn in Hsame; rewrite E1, E2, E3 in Hsame.
Qed.

Lemma aged_trans l1 l2 l3 : aged l1 l2 -> aged l2 l3 -> aged l1 l3.
Proof.
  intros H1. revert l3. induction H1 as [|n m l1 l2 [E1 U1] _ IH]; intros l3 H2; inversion H2 as [|? k ? l3' [E2 U2] H2']; subst; constructor.
  - split; [congruence|auto].
  - by apply IH.
Qed.

Lemma get_peers_loop_ok ids a : going ids a ->
  exists a' new, get_peers_loop now has_number ids a = Ok a' /\ going [] a' /\ same_search a a' /\ a_queries a' = a_queries a ++ new /\
    made DHT_GET_PEERS new /\ a_asked a' = a_asked a.
Proof.
  revert a. induction ids as [|id ids IH]; intros a Hg; cbn [get_peers_loop].
  - exists a, []. rewrite app_nil_r. split_and!; try done. constructor.
  - destruct (add_query_ok DHT_GET_PEERS id ids a Hg) as (a1 & new1 & -> & H1 & S1 & Q1 & M1 & A1 & _). cbn [mbind res_bind].
    destruct (IH a1 H1) as (a2 & new2 & -> & H2 & S2 & Q2 & M2 & A2). exists a2, (new1 ++ new2).
    split_and!; try done; [by eapply same_search_trans|by rewrite Q2, Q1, app_assoc|by apply Forall_app|congruence].
Qed.

Lemma ask_loop_ok fuel a : going [] a -> asked_ok (a_search a) (a_asked a) -> (uncontacted (s_nodes (a_search a)) < fuel)%nat ->
  exists a' new, ask_loop now has_number fuel a = Ok a' /\ going [] a' /\ same_search a a' /\ a_queries a' = a_queries a ++ new /\
    made DHT_FIND_NODE new /\ asked_ok (a_search a') (a_asked a').
Proof.
  revert a. induction fuel as [|fuel IH]; intros a Hg Hak Hf; [lia|]. cbn [ask_loop].
  destruct (get_contact_ok _ _ _ (g_ok _ _ Hg)) as (r & s1 & E & E1 & E2 & E3 & Hr).
  pose proof (get_contact_asked _ _ _ _ _ _ (g_ok _ _ Hg) Hak E) as Hk. rewrite E. cbn [mbind res_bind].
  destruct Hg as [Hok Hq Hn Hin]. pose proof (inet_get_contact _ _ Hin E) as Hin1. cbn [snd] in Hin1. destruct r as [id|].
  - destruct Hr as [Hr _], Hk as [Hk Hu]. set (a1 := add_asked (with_search a s1) id).
    destruct (add_query_ok DHT_FIND_NODE id [] a1) as (a2 & new & -> & G2 & S2 & Q2 & M2 & A2 & Hag & Er).
    { split; [done|done| |done]. by apply ak_once in Hk. }
    cbn [mbind res_bind]. destruct (IH a2) as (a3 & new3 & -> & G3 & S3 & Q3 & M3 & K3); [done| | |].
    { rewrite A2. eapply asked_aged; [exact Hk|by destruct S2|done|done]. }
    { apply uncontacted_aged in Hag. cbn in Hag. lia. }
    exists a3, (new ++ new3). split_and!; try done; [|by rewrite Q3, Q2, app_assoc|by apply Forall_app].
    eapply same_search_trans; [|exact S3]. eapply same_search_trans; [|exact S2]. by split_and!.
  - eexists _, []. split; [reflexivity|]. rewrite app_nil_r.
    split; [by split|]. split; [by split_and!|]. split; [done|]. split; [constructor|apply Hk].
Qed.

Lemma uncontacted_length l : (uncontacted l < S (length l))%nat.
Proof. unfold uncontacted. pose proof (length_filter (fun n => node_uncontacted n = true) l). lia. Qed.

Lemma ok_idle s opens st : ok s opens st -> DhtSearch.complete s = true -> opens = [] /\ st = 0.
Proof.
  intros Hok Hc. unfold DhtSearch.complete in Hc. bool_prop. rewrite (ok_pending _ _ _ Hok) in *. pose proof (ok_stalled _ _ _ Hok).
  destruct opens; [|unfold zlen in *; cbn [length] in *; lia]. split; [done|]. unfold zlen in *. cbn [length] in *. lia.
Qed.

(** The step after a reply or a timeout: more nodes are asked, or the peers of
    those that were found. *)
Lemma find_node_next_ok a : going [] a -> asked_ok (a_search a) (a_asked a) ->
  exists a' new, find_node_next now has_number a = Ok a' /\ going [] a' /\ same_search a a' /\ a_queries a' = a_queries a ++ new /\
    Forall (fun t => is_Some (m_node t)) new /\
    (asked_ok (a_search a') (a_asked a') \/ opens_of (a_queries a) = [] /\ made DHT_GET_PEERS new).
Proof.
  intros Hg Hak. unfold find_node_next, ask.
  destruct (ask_loop_ok _ a Hg Hak (uncontacted_length _)) as (a1 & new & -> & G1 & S1 & Q1 & M1 & K1). cbn [mbind res_bind].
  assert (Hopen : Forall (fun t => is_Some (m_node t)) new) by (eapply Forall_impl; [exact M1|]; by intros t [_ ?]).
  destruct (is_announce (a_search a1)) eqn:Ea; cbn [negb]; [|exists a1, new; split_and!; try done; by left].
  destruct (DhtSearch.complete (a_search a1)) eqn:Ec; cbn [mbind res_bind].
  2: { exists (update_status a1), new. split_and!; try done; [by destruct G1; split|by left]. }
  destruct (ok_idle _ _ _ (g_ok _ _ G1) Ec) as [Ho Hs]. cbn [app] in Ho. rewrite Q1, opens_app in Ho. apply app_eq_nil in Ho as [Ho1 Ho2].
  assert (Enew : new = []). { destruct new as [|t new]; [done|]. apply Forall_cons in Hopen as [[id Hid] _]. unfold opens_of in Ho2. cbn in Ho2. by rewrite Hid in Ho2. }
  destruct G1 as [Hok Hq Hn Hin]. rewrite Hs in Hok. rewrite Q1, opens_app, Ho1, Ho2 in Hok. cbn [app] in Hok.
  destruct (start_announce_ok (a_search a1) Hok Ea Ec) as (l & s2 & Esa & Hok2 & El & E1 & E2 & E3).
  pose proof (inet_start_announce _ _ Hin Esa) as Hin2. cbn [snd] in Hin2. rewrite Esa. cbn [mbind res_bind].
  set (a2 := match l with [] => with_search a1 s2 | _ => add_event (with_search a1 s2) set_dht_announce_state end).
  assert (E2' : a_search a2 = s2 /\ a_queries a2 = a_queries a1 /\ a_asked a2 = a_asked a1) by (unfold a2; by destruct l).
  destruct E2' as (Es & Eq & Eas). destruct (get_peers_loop_ok l a2) as (a3 & new3 & -> & G3 & S3 & Q3 & M3 & A3).
  { split; rewrite ?Es, ?Eq, ?Eas; try done. rewrite Q1, opens_app, stalled_app, Ho1, Ho2, app_nil_r, Enew, app_nil_r.
    replace (zlen (stalled_of (a_queries a))) with 0; [done|]. pose proof (stalled_opens (a_queries a)) as Hso. rewrite Ho1 in Hso.
    unfold zlen. cbn [length] in Hso. lia. }
  cbn [mbind res_bind]. exists (update_status a3), new3. split; [done|]. split; [by destruct G3; split|]. split.
  { eapply same_search_trans; [exact S1|]. eapply same_search_trans; [|exact S3]. unfold same_search. rewrite Es, E1, E2, E3, Ea.
    unfold DhtSearch.complete in Ec. bool_prop. done. }
  split; [cbn; by rewrite Q3, Eq, Q1, Enew, app_nil_r|]. split; [by eapply Forall_impl; [exact M3|]; intros t [_ ?]|]. by right.
Qed.

(** Queries of the table. *)
Lemma query_split (l : list DhtTransactionSearch) i t : l !! i = Some t -> exists l1 l2, l = l1 ++ t :: l2 /\ length l1 = i /\
  (forall t', <[i := t']> l = l1 ++ t' :: l2) /\ delete i l = l1 ++ l2.
Proof.
  intros Hi. pose proof (take_drop_middle l i t Hi) as E. pose proof (lookup_lt_Some _ _ _ Hi) as Hl.
  assert (Hlen : length (take i l) = i) by (rewrite length_take; lia).
  exists (take i l), (drop (S i) l). split_and!; [done|done|intros t'; by rewrite insert_take_drop|by rewrite delete_take_drop].
Qed.

Lemma reading_reply own l s opens st asked : ok s opens st -> asked_ok s asked ->
  Forall (fun c => is_hash (fst c) /\ plain_address (snd c)) l -> zlen (s_nodes s) + zlen l < 2 ^ 31 - 1 ->
  inet_nodes (s_nodes s) ->
  exists s', add_reply own l s = Ok s' /\ ok s' opens st /\ asked_ok s' asked /\ m_target s' = m_target s /\
    is_announce s' = is_announce s /\ m_started s' = m_started s /\ inet_nodes (s_nodes s').
Proof.
  intros Hok Hak Hl. revert s Hok Hak. induction Hl as [|[id sa] l [Hid Hsa] _ IH]; intros s Hok Hak Hz Hin; cbn [add_reply]; [by exists s|].
  unfold zlen in Hz. cbn [length] in Hz. cbn [fst snd] in *. case_bool_decide.
  - cbn [mbind res_bind]. apply IH; [done|done|unfold zlen; lia|done].
  - destruct (add_contact_ok id sa s opens st Hok Hid Hsa) as (ad & s1 & E & H1 & E1 & E2 & E3 & Hz1 & _); [unfold zlen; lia|].
    pose proof (add_contact_asked id sa s opens st asked ad s1 Hok Hid Hsa ltac:(unfold zlen; lia) Hak E) as K1. pose proof (inet_contact _ _ _ _ Hsa Hin E) as Hin1. rewrite E. cbn [mbind res_bind].
    destruct (IH s1 H1 K1) as (s2 & -> & H2 & K2 & F1 & F2 & F3 & F4); [unfold zlen in *; lia|done|]. exists s2. split_and!; (done || congruence).
Qed.

(** Between events: every query of the table is open, and while nodes are
    asked none was asked twice. *)
Record running (a : Activity) : Prop := {
  run_going : going [] a;
  run_open : Forall (fun t => is_Some (m_node t)) (a_queries a);
  run_asked : Exists (fun t => t_type t = DHT_FIND_NODE) (a_queries a) -> asked_ok (a_search a) (a_asked a)
}.

(** The query an event is about, and what a reply brings. *)
Definition event_ok (e : event) (a : Activity) : Prop :=
  match e with
  | nodes_arrived own i nodes =>
      (exists t, a_queries a !! i = Some t /\ t_type t = DHT_FIND_NODE) /\
      Forall is_u8 nodes /\ zlen (s_nodes (a_search a)) + zlen nodes < 2 ^ 31 - 1
  | peers_arrived i _ _ => exists t, a_queries a !! i = Some t /\ t_type t = DHT_GET_PEERS
  | timed_out i quick => exists t, a_queries a !! i = Some t /\ (quick = true -> m_hasQuickTimeout t = true)
  | cancelled i => is_Some (a_queries a !! i)
  end.

(** The open queries, with one of them in front. *)
Lemma going_split l1 t l2 id a : going [] a -> a_queries a = l1 ++ t :: l2 -> m_node t = Some id ->
  ok (a_search a) (id :: opens_of (l1 ++ l2)) ((if m_hasQuickTimeout t then 0 else 1) + zlen (stalled_of (l1 ++ l2))).
Proof.
  intros [Hok _ _ _] Eq Ht. rewrite Eq, opens_app, stalled_app in Hok. rewrite opens_app, stalled_app. cbn [app] in Hok.
  unfold opens_of in Hok at 2. unfold stalled_of in Hok at 2. cbn [omap list_omap] in Hok. rewrite Ht in Hok.
  fold (opens_of l2) (stalled_of l2) in Hok. eapply (ok_perm _ (opens_of l1 ++ id :: opens_of l2)); [symmetry; apply Permutation_middle|].
  match goal with |- ok _ _ ?x => match type of Hok with ok _ _ ?y => replace x with y; [done|] end end.
  unfold zlen. rewrite !length_app. destruct (m_hasQuickTimeout t); cbn [length]; lia.
Qed.

Lemma stalled_bound l : 0 <= zlen (stalled_of l) <= zlen (opens_of l).
Proof. pose proof (stalled_opens l). unfold zlen. lia. Qed.

(** A query of the table that is complete. *)
Lemma going_complete success i t a : running a -> a_queries a !! i = Some t ->
  exists s', DhtTransaction.complete now success t (a_search a) = Ok (closed t, s') /\
    going [] (set_query i (closed t) (with_search a s')) /\ m_restart s' = m_restart (a_search a) /\
    same_search a (with_search a s') /\ aged (s_nodes (a_search a)) (s_nodes s').
Proof.
  intros [Hg Hop _] Hi. destruct (query_split _ _ _ Hi) as (l1 & l2 & Eq & _ & Hins & _).
  rewrite Forall_forall in Hop. destruct (Hop t) as [id Ht]; [by eapply list_elem_of_lookup_2|].
  pose proof (going_split l1 t l2 id a Hg Eq Ht) as Hok.
  destruct (complete_ok success t id _ _ _ Ht Hok (stalled_bound _)) as (s' & E & Hok' & E1 & E2 & E3 & Er & Ha & Hin').
  exists s'. split; [done|]. split; [|done]. destruct Hg as [_ Hq Hn Hin].
  assert (Hd : opens_of (l1 ++ closed t :: l2) = opens_of (l1 ++ l2) /\ stalled_of (l1 ++ closed t :: l2) = stalled_of (l1 ++ l2)).
  { rewrite !opens_app, !stalled_app. unfold opens_of, stalled_of. cbn. by destruct (m_hasQuickTimeout t). }
  destruct Hd as [Hd1 Hd2]. split; cbn [set_query with_queries with_search a_search a_queries a_asked app]; rewrite ?Hins; [by rewrite Hd1, Hd2| |done|by apply Hin'].
  rewrite Eq in Hq. apply Forall_app in Hq as [Hq1 Hq2]. apply Forall_cons in Hq2 as [Hq Hq2]. by rewrite Forall_app, Forall_cons.
Qed.

(** The end of a complete query of the table. *)
Lemma erase_closed i t a : going [] a -> a_queries a !! i = Some t -> m_node t = None ->
  exists a', erase_query now i a = Ok a' /\ going [] a' /\ a_queries a' = delete i (a_queries a) /\ a_search a' = a_search a /\
    a_asked a' = a_asked a.
Proof.
  intros Hg Hi Ht. unfold erase_query, query_at. rewrite Hi. cbn [of_deref mbind res_bind]. unfold end_query, destroy. rewrite Ht.
  cbn [mbind res_bind]. destruct (query_split _ _ _ Hi) as (l1 & l2 & Eq & _ & _ & Hdel).
  assert (G : going [] (with_queries a (delete i (a_queries a)))).
  { destruct Hg as [Hok Hq Hn Hin]. split; cbn [with_queries a_search a_queries a_asked app]; rewrite ?Hdel; [| |done|done].
    - rewrite Eq in Hok. rewrite !opens_app, !stalled_app in *. unfold opens_of in Hok at 2. unfold stalled_of in Hok at 2.
      cbn in Hok. rewrite Ht in Hok. by destruct (m_hasQuickTimeout t).
    - rewrite Eq in Hq. apply Forall_app in Hq as [Hq1 Hq2]. apply Forall_cons in Hq2 as [_ Hq2]. by apply Forall_app. }
  unfold check_search_completed. cbn [with_search with_queries a_search].
  destruct (DhtSearch.complete (a_search a)); eexists; (split; [reflexivity|]); destruct G as [G1 G2 G3 G4]; by split_and!.
Qed.

Lemma erase_open i a : running a -> is_Some (a_queries a !! i) -> exists a', erase_query now i a = Ok a' /\ running a'.
Proof.
  intros [Hg Hop Hak] [t Hi]. destruct (query_split _ _ _ Hi) as (l1 & l2 & Eq & _ & _ & Hdel).
  assert (Hop' := Hop). rewrite Forall_forall in Hop'. destruct (Hop' t) as [id Ht]; [by eapply list_elem_of_lookup_2|].
  pose proof (going_split l1 t l2 id a Hg Eq Ht) as Hok. unfold erase_query, query_at. rewrite Hi. cbn [of_deref mbind res_bind].
  destruct Hg as [_ Hq Hn Hin]. rewrite Eq in Hq, Hop, Hak. apply Forall_app in Hq as [Hq1 Hq2]. apply Forall_cons in Hq2 as [_ Hq2].
  apply Forall_app in Hop as [Hop1 Hop2]. apply Forall_cons in Hop2 as [_ Hop2].
  destruct (end_query_ok t id [] (with_queries a (delete i (a_queries a))) Ht) as (a' & -> & G & S & Q & A & Hag & Er).
  { cbn [with_queries a_search a_queries]. by rewrite Hdel. }
  { cbn [with_queries a_search a_queries]. rewrite Hdel. by apply Forall_app. }
  { done. }
  { done. }
  exists a'. split; [done|]. cbn [with_queries a_search a_queries a_asked] in *. split; [done|rewrite Q, Hdel; by apply Forall_app|].
  rewrite Q, Hdel, A. intros He. eapply asked_aged; [apply Hak|by destruct S|done|done].
  apply Exists_app in He as [He|He]; apply Exists_app; [by left|right]. by apply Exists_cons_tl.
Qed.

(** A query that is complete, the queries it leads to, and its end. *)
Lemma next_and_erase i t a : going [] a -> a_queries a !! i = Some t -> m_node t = None ->
  Forall (fun t => is_Some (m_node t)) (delete i (a_queries a)) -> asked_ok (a_search a) (a_asked a) ->
  exists a2 a3, find_node_next now has_number a = Ok a2 /\ erase_query now i a2 = Ok a3 /\ running a3.
Proof.
  intros Hg Hi Ht Hop Hak. destruct (find_node_next_ok a Hg Hak) as (a2 & new & E2 & G2 & S2 & Q2 & O2 & K2).
  assert (Hi2 : a_queries a2 !! i = Some t) by (rewrite Q2; by apply lookup_app_l_Some).
  destruct (erase_closed i t a2 G2 Hi2 Ht) as (a3 & E3 & G3 & Q3 & S3 & A3). exists a2, a3. split; [done|]. split; [done|].
  destruct (query_split _ _ _ Hi) as (l1 & l2 & Eq & Hlen & _ & Hdel).
  assert (Hd : delete i (a_queries a2) = (l1 ++ l2) ++ new).
  { rewrite Q2, Eq, <- Hlen, <- app_assoc. cbn [app]. rewrite delete_middle. by rewrite app_assoc. }
  rewrite Hdel in Hop. split; [done|rewrite Q3, Hd; by apply Forall_app|]. rewrite Q3, Hd, S3, A3. intros He.
  destruct K2 as [K2|[Ho M2]]; [done|]. exfalso.
  assert (El : l1 ++ l2 = []).
  { rewrite Eq, opens_app in Ho. unfold opens_of in Ho at 2. cbn in Ho. rewrite Ht in Ho. fold (opens_of l2) in Ho. rewrite <- opens_app in Ho.
    destruct (l1 ++ l2) as [|x l]; [done|]. apply Forall_cons in Hop as [[id Hx] _]. unfold opens_of in Ho. cbn in Ho. by rewrite Hx in Ho. }
  rewrite El in He. cbn [app] in He. apply Exists_exists in He as (x & Hx & Ex). unfold made in M2. rewrite Forall_forall in M2.
  destruct (M2 x Hx) as [Ex' _]. congruence.
Qed.

Lemma find_here i (a : Activity) t : a_queries a !! i = Some t -> t_type t = DHT_FIND_NODE ->
  Exists (fun t => t_type t = DHT_FIND_NODE) (a_queries a).
Proof. intros Hi Et. apply Exists_exists. exists t. split; [by eapply list_elem_of_lookup_2|done]. Qed.

Lemma delete_insert_open i t (l : list DhtTransactionSearch) : Forall (fun t => is_Some (m_node t)) l -> is_Some (l !! i) ->
  Forall (fun t => is_Some (m_node t)) (delete i (<[i := t]> l)).
Proof.
  intros Hl [u Hi]. destruct (query_split _ _ _ Hi) as (l1 & l2 & Eq & Hlen & Hins & _). rewrite Hins, <- Hlen, delete_middle.
  rewrite Eq in Hl. apply Forall_app in Hl as [Hl1 Hl2]. apply Forall_cons in Hl2 as [_ Hl2]. by apply Forall_app.
Qed.

Lemma node_infos_ok n s : Forall is_u8 s -> (26 * n <= length s)%nat ->
  Forall (fun c => is_hash (fst c) /\ plain_address (snd c)) (node_infos n s) /\ length (node_infos n s) = n.
Proof.
  revert s. induction n as [|n IH]; intros s Hs Hl; cbn [node_infos]; [done|].
  destruct (IH (drop 26 s)) as [H1 H2]; [by apply Forall_drop|rewrite length_drop; lia|]. split; [|cbn [length]; lia].
  constructor; [|done]. cbn [node_info fst snd]. split; [|done]. split; [|by apply Forall_take, Forall_take].
  rewrite take_take, length_take. unfold size_data. lia.
Qed.

Lemma compact_nodes_ok s : Forall is_u8 s ->
  Forall (fun c => is_hash (fst c) /\ plain_address (snd c)) (compact_nodes s) /\ zlen (compact_nodes s) <= zlen s.
Proof.
  intros Hs. unfold compact_nodes.
  pose proof (Nat.Div0.mul_div_le (length s - length s `mod` 26) 26) as Hm.
  destruct (node_infos_ok ((length s - length s `mod` 26) / 26) s Hs) as [H1 H2]; [lia|]. split; [done|]. unfold zlen. rewrite H2. lia.
Qed.

Lemma find_reply_ok own i nodes a : running a -> event_ok (nodes_arrived own i nodes) a ->
  exists a', find_node_reply now has_number own i nodes a = Ok a' /\ running a'.
Proof.
  intros Hr [(t & Hi & Et) [Hn Hz']]. destruct (compact_nodes_ok nodes Hn) as [Hl Hz0].
  assert (Hz : zlen (s_nodes (a_search a)) + zlen (compact_nodes nodes) < 2 ^ 31 - 1) by lia. clear Hz' Hz0. unfold find_node_reply, query_at. rewrite Hi. cbn [of_deref mbind res_bind].
  destruct (going_complete true i t a Hr Hi) as (s1 & -> & G1 & Er & S1 & Hag). cbn [mbind res_bind].
  pose proof (run_asked _ Hr (find_here _ _ _ Hi Et)) as Hak.
  assert (K1 : asked_ok s1 (a_asked a)) by (eapply asked_aged; [done|by destruct S1|done|done]).
  set (a1 := set_query i (closed t) (with_search a s1)) in *. change (a_search a1) with s1.
  assert (Hz1 : zlen (s_nodes s1) = zlen (s_nodes (a_search a))).
  { apply aged_ids in Hag. unfold ids in Hag. apply (f_equal length) in Hag. rewrite !length_fmap in Hag. unfold zlen. lia. }
  destruct (reading_reply own (compact_nodes nodes) s1 _ _ (a_asked a) (g_ok _ _ G1) K1 Hl) as (s2 & -> & Hok2 & K2 & _ & _ & _ & Hin2); [lia|by destruct G1|]. cbn [mbind res_bind].
  destruct (next_and_erase i (closed t) (with_search a1 s2)) as (a2 & a3 & -> & E3 & R3); [|by apply list_lookup_insert_eq, lookup_lt_is_Some; exists t|done| |done|].
  - destruct G1 as [_ Gq Gn _]. by split.
  - apply (delete_insert_open i (closed t) (a_queries a)); [exact (run_open _ Hr)|by exists t].
  - cbn [mbind res_bind]. by exists a3.
Qed.

Lemma peers_reply_ok i peers long a : running a -> (exists t, a_queries a !! i = Some t /\ t_type t = DHT_GET_PEERS) ->
  exists a', get_peers_reply now i peers long a = Ok (if long then Raised_dht_error else Handled, a') /\ running a'.
Proof.
  intros Hr (t & Hi & Et). unfold get_peers_reply, query_at. rewrite Hi. cbn [of_deref mbind res_bind].
  destruct (going_complete true i t a Hr Hi) as (s1 & -> & G1 & Er & S1 & Hag). cbn [mbind res_bind].
  set (a1 := set_query i (closed t) (with_search a s1)) in *.
  set (ap := match peers with Some _ => _ | None => _ end). set (a2 := if long then ap else update_status ap).
  assert (Ego : (if long then a ← erase_query now i ap; Ok (Raised_dht_error, a)
                 else a ← erase_query now i (update_status ap); Ok (Handled, a)) =
                (a ← erase_query now i a2; Ok (if long then Raised_dht_error else Handled, a))) by (unfold a2; by destruct long).
  rewrite Ego. clear Ego.
  assert (E2 : a_search a2 = s1 /\ a_queries a2 = a_queries a1 /\ a_asked a2 = a_asked a) by (unfold a2, ap; by destruct long, peers).
  destruct E2 as (Es & Eq & Ea). assert (G2 : going [] a2) by (destruct G1 as [g1 g2 g3 g4]; split; by rewrite ?Es, ?Eq, ?Ea).
  destruct (erase_closed i (closed t) a2 G2) as (a3 & -> & G3 & Q3 & S3 & A3); [|done|].
  { rewrite Eq. by apply list_lookup_insert_eq, lookup_lt_is_Some; exists t. }
  exists a3. split; [by cbn [mbind res_bind]|]. split; [done|rewrite Q3, Eq; apply (delete_insert_open i (closed t) (a_queries a)); [exact (run_open _ Hr)|by exists t]|].
  rewrite Q3, Eq, S3, Es, A3, Ea. intros He. eapply asked_aged; [apply (run_asked _ Hr)|by destruct S1|done|done].
  destruct (query_split _ _ _ Hi) as (l1 & l2 & El & Hlen & Hins & _). cbn in He. rewrite Hins, <- Hlen, delete_middle in He.
  rewrite El. apply Exists_app in He as [He|He]; apply Exists_app; [by left|right]. by apply Exists_cons_tl.
Qed.

Lemma stalled_ok i t id a : running a -> a_queries a !! i = Some t -> m_node t = Some id -> m_hasQuickTimeout t = true ->
  exists s', set_stalled t (a_search a) = Ok (mkTx (t_type t) (t_id t) (m_node t) false, s') /\
    going [] (set_query i (mkTx (t_type t) (t_id t) (m_node t) false) (with_search a s')) /\
    s' = with_concurrency (a_search a) (m_concurrency s').
Proof.
  intros [Hg _ _] Hi Ht Hqk. destruct (query_split _ _ _ Hi) as (l1 & l2 & Eq & _ & Hins & _).
  pose proof (going_split l1 t l2 id a Hg Eq Ht) as Hok. rewrite Hqk in Hok. pose proof (ok_opens_size _ _ _ Hok) as Hz.
  pose proof (stalled_bound (l1 ++ l2)) as Hsb. pose proof (ok_limit _ _ _ Hok) as Hlim.
  unfold set_stalled. rewrite Hqk. cbn [negb throw_when mbind res_bind]. eexists. split; [reflexivity|]. split; [|done].
  rewrite (ok_concurrency _ _ _ Hok), u32_small by (unfold zlen in *; cbn [length] in *; lia).
  destruct Hg as [_ Hq Hn Hin]. rewrite Eq in Hq. apply Forall_app in Hq as [Hq1 Hq2]. apply Forall_cons in Hq2 as [Hq Hq2].
  split; cbn [set_query with_queries with_search a_search a_queries a_asked app]; rewrite ?Hins; [|by rewrite Forall_app, Forall_cons|done|done].
  rewrite opens_app, stalled_app. unfold opens_of at 2, stalled_of at 2. cbn [omap list_omap m_node m_hasQuickTimeout]. rewrite Ht.
  fold (opens_of l2) (stalled_of l2). rewrite opens_app, stalled_app in *.
  eapply (ok_perm _ (id :: opens_of l1 ++ opens_of l2)); [apply Permutation_middle|].
  replace (3 + (0 + zlen (stalled_of l1 ++ stalled_of l2)) + 1) with (3 + zlen (stalled_of l1 ++ id :: stalled_of l2))
    by (unfold zlen; rewrite !length_app; cbn [length]; lia).
  apply (ok_concurrency_set _ _ _ _ Hok); unfold zlen in *; rewrite ?length_app in *; cbn [length] in *; rewrite ?length_app in *; lia.
Qed.

Lemma failed_query_ok i quick a : running a -> event_ok (timed_out i quick) a ->
  exists a', failed_query now has_number i quick a = Ok a' /\ running a'.
Proof.
  intros Hr (t & Hi & Hqk). unfold failed_query, query_at. rewrite Hi. cbn [of_deref mbind res_bind].
  destruct (t_type t) eqn:Et.
  - pose proof (run_asked _ Hr (find_here _ _ _ Hi Et)) as Hak. destruct quick.
    + pose proof (run_open _ Hr) as Hop. assert (Hop' := Hop). rewrite Forall_forall in Hop'.
      destruct (Hop' t) as [id Ht]; [by eapply list_elem_of_lookup_2|].
      destruct (stalled_ok i t id a Hr Hi Ht (Hqk eq_refl)) as (s1 & -> & G1 & Es). cbn [mbind res_bind].
      set (t' := mkTx (t_type t) (t_id t) (m_node t) false) in *. set (a1 := set_query i t' (with_search a s1)) in *.
      assert (K1 : asked_ok (a_search a1) (a_asked a1)) by (change (asked_ok s1 (a_asked a)); rewrite Es; by apply asked_concurrency).
      assert (Hi1 : a_queries a1 !! i = Some t') by (by apply list_lookup_insert_eq, lookup_lt_is_Some; exists t).
      destruct (find_node_next_ok a1 G1 K1) as (a2 & new & -> & G2 & S2 & Q2 & O2 & K2). exists a2. split; [done|].
      assert (Ho1 : Forall (fun t => is_Some (m_node t)) (a_queries a1)).
      { apply Forall_insert; [done|]. by exists id. }
      split; [done|rewrite Q2; by apply Forall_app|]. intros _. destruct K2 as [K2|[Ho _]]; [done|]. exfalso.
      assert (Hin : id ∈ opens_of (a_queries a1)); [|rewrite Ho in Hin; by apply elem_of_nil in Hin].
      apply list_elem_of_omap. exists t'. split; [by eapply list_elem_of_lookup_2|done].
    + destruct (going_complete false i t a Hr Hi) as (s1 & -> & G1 & Er & S1 & Hag). cbn [mbind res_bind].
      destruct (next_and_erase i (closed t) _ G1) as (a2 & a3 & -> & E3 & R3); [|done| | |].
      * by apply list_lookup_insert_eq, lookup_lt_is_Some; exists t.
      * apply (delete_insert_open i (closed t) (a_queries a)); [exact (run_open _ Hr)|by exists t].
      * eapply asked_aged; [exact Hak|by destruct S1|done|done].
      * cbn [mbind res_bind]. by exists a3.
  - cbn [mbind res_bind]. destruct quick; [|apply erase_open; [done|by exists t]].
    exfalso. destruct Hr as [[_ Hq _ _] _ _]. rewrite Forall_forall in Hq. specialize (Hq t ltac:(by eapply list_elem_of_lookup_2) Et).
    rewrite Hqk in Hq; done.
Qed.

(** Every event is handled, and only a long token ends in an exception. *)
Lemma handle_ok e a : running a -> event_ok e a ->
  exists a', handle now has_number e a = Ok (outcome_of e, a') /\ running a'.
Proof.
  intros Hr He. destruct e as [own i l|i peers long|i quick|i]; cbn [handle outcome_of].
  - destruct (find_reply_ok own i l a Hr He) as (a' & -> & R). by exists a'.
  - by apply peers_reply_ok.
  - destruct (failed_query_ok i quick a Hr He) as (a' & -> & R). by exists a'.
  - destruct (erase_open i a Hr He) as (a' & -> & R). by exists a'.
Qed.

End Handling.

(** ** The life of a search *)

Section Life.
Context `{ByteOrder}.

Lemma begin_ok now has_number announce t nodes buckets h vs : is_hash t -> DhtBucket.visits buckets (DhtBucket.mkChain (Some h) h) vs ->
  Forall (bucket_nodes_plain nodes buckets) vs -> (length vs <= base.size buckets)%nat ->
  exists a, begin now has_number announce t nodes buckets h = Ok a /\ running a.
Proof.
  intros Ht Hv Hb Hf. destruct (add_contacts_ok nodes buckets h vs announce t Ht Hv Hb Hf) as (s & Es & Hok & Hak).
  unfold begin. rewrite Es. cbn [mbind res_bind]. unfold ask.
  assert (Hin : inet_nodes (s_nodes s)) by (eapply inet_chain; [exact Hv|exact Hb| |exact Es]; constructor).
  assert (G0 : going [] (mkActivity s [] false [] [])) by (by split; [|constructor|constructor|]).
  destruct (ask_loop_ok now has_number _ _ G0 Hak (uncontacted_length (s_nodes s))) as (a & new & E & [G1 G2 G3 G4] & S1 & Q1 & M1 & K1).
  cbn [a_search]. rewrite E. cbn [mbind res_bind start]. cbn [a_queries app] in Q1.
  assert (R : forall s', a_search a = s' -> running (with_search a (snd (start s')))).
  { intros s' <-. split; [split; [by destruct G1|done|done|done]| |by intros _; destruct K1].
    cbn [with_search a_queries]. rewrite Q1. eapply Forall_impl; [exact M1|]. by intros x [_ ?]. }
  specialize (R _ eq_refl). cbn [start snd] in R. destruct R as [[r1 r2 r3 r4] R2 R3].
  destruct (m_pending (a_search a) =? 0); cbn [negb]; [|destruct announce]; eexists; (split; [reflexivity|]); by split.
Qed.

(** A search starts from a bucket of the table; then replies, timeouts and
    errors come in any order. *)
Inductive activity : Activity -> Prop :=
| activity_begin now has_number announce t nodes buckets h vs a : is_hash t ->
    DhtBucket.visits buckets (DhtBucket.mkChain (Some h) h) vs ->
    Forall (bucket_nodes_plain nodes buckets) vs -> (length vs <= base.size buckets)%nat ->
    begin now has_number announce t nodes buckets h = Ok a -> activity a
| activity_event now has_number e r a a' : activity a -> event_ok e a -> handle now has_number e a = Ok (r, a') -> activity a'.

Lemma activity_running a : activity a -> running a.
Proof.
  induction 1 as [now has_number announce t nodes buckets h vs a Ht Hv Hb Hf E|now has_number e r a a' _ IH He E].
  - destruct (begin_ok now has_number announce t nodes buckets h vs Ht Hv Hb Hf) as (a1 & E1 & R). by rewrite E in E1; injection E1 as <-.
  - destruct (handle_ok now has_number e a IH He) as (a1 & E1 & R). by rewrite E in E1; injection E1 as _ <-.
Qed.

(** The queries that count for the limit. *)
Definition unstalled (a : Activity) : Z := zlen (filter (fun t => m_hasQuickTimeout t = true) (a_queries a)).

Lemma unstalled_split l : Forall (fun t => is_Some (m_node t)) l ->
  zlen (filter (fun t => m_hasQuickTimeout t = true) l) + zlen (stalled_of l) = zlen l /\ zlen (opens_of l) = zlen l.
Proof.
  induction 1 as [|t l [id Ht] _ [IH1 IH2]]; [done|]. unfold zlen, stalled_of, opens_of in *. cbn [omap list_omap]. rewrite filter_cons, Ht.
  destruct (m_hasQuickTimeout t); [rewrite decide_True by done|rewrite decide_False by done]; cbn [length]; lia.
Qed.

(** C11: However replies, timeouts, errors and cancellations of open queries
    come, the server handles each of them and goes on; the one that ends in an
    exception, a [dht_error], is a reply with a token of more than 64 bytes, and
    its query is gone like any other.  The search knows how many queries are
    under way, and at most three of them have not stalled. *)
Theorem search_events_handled now has_number e a : activity a -> event_ok e a ->
  exists a', handle now has_number e a = Ok (outcome_of e, a') /\ activity a' /\
    m_pending (a_search a') = zlen (a_queries a') /\ unstalled a' <= 3.
Proof.
  intros Ha He. destruct (handle_ok now has_number e a (activity_running a Ha) He) as (a' & E & R). exists a'. split; [done|].
  split; [by eapply activity_event|]. destruct R as [[Hok _ _ _] Hop _]. destruct (unstalled_split _ Hop) as [H1 H2]. cbn [app] in Hok.
  pose proof (ok_pending _ _ _ Hok). pose proof (ok_limit _ _ _ Hok). unfold unstalled. lia.
Qed.

(** C12: A search asks no node twice, also when replies name a node again after
    it was dropped for closer ones. *)
Theorem no_node_asked_twice a : activity a -> NoDup (a_asked a).
Proof. intros Ha. by destruct (activity_running a Ha) as [[_ _ Hn _] _ _]. Qed.

(** A search without queries is as its destructor asserts. *)
Theorem idle_search_asserts a : activity a -> a_queries a = [] -> m_pending (a_search a) = 0 /\ m_concurrency (a_search a) = 3.
Proof.
  intros Ha Hq. destruct (activity_running a Ha) as [[Hok _ _ _] _ _]. rewrite Hq in Hok.
  split; [apply (ok_pending _ _ _ Hok)|apply (ok_concurrency _ _ _ Hok)].
Qed.

End Life.

(** ** A run *)

Section Run.
#[local] Instance this_host : ByteOrder := true.

(** From a table with one node. *)
Definition any_number (_ : bytes) : bool := true.
Definition first_search (announce : bool) : res Activity :=
  begin 1000 any_number announce (replicate 20 9) DhtBucket.example_nodes DhtBucket.example_buckets 0.
Definition second_node : bytes := replicate 19 0 ++ [8; 127; 0; 0; 2; 0; 80].

Lemma first_search_active announce a : first_search announce = Ok a -> activity a.
Proof.
  intros E. apply (activity_begin 1000 any_number announce (replicate 20 9) DhtBucket.example_nodes DhtBucket.example_buckets 0 [0%nat]); [| | | |done].
  - split; [done|]. by apply (bool_decide_unpack _); vm_compute.
  - by apply (DhtBucket.visits_last _ (DhtBucket.mkChain (Some 0%nat) 0%nat)).
  - constructor; [|constructor]. eexists. split; [reflexivity|]. constructor; [|constructor]. eexists. split; [reflexivity|].
    split; [|done]. split; [done|]. by apply (bool_decide_unpack _); vm_compute.
  - vm_compute. lia.
Qed.

Definition the_search : Activity := match first_search true with Ok a => a | _ => mkActivity (new_search true []) [] false [] [] end.
Lemma the_search_active : activity the_search.
Proof. apply (first_search_active true). vm_compute. reflexivity. Qed.

Lemma search_events_handled_witness : exists a', handle 1000 any_number (nodes_arrived new_zero 0 second_node) the_search = Ok (Handled, a') /\
  activity a' /\ m_pending (a_search a') = zlen (a_queries a') /\ unstalled a' <= 3.
Proof.
  apply (search_events_handled 1000 any_number (nodes_arrived new_zero 0 second_node) the_search the_search_active).
  split; [eexists; split; vm_compute; reflexivity|]. split; [|by vm_compute].
  by apply (bool_decide_unpack _); vm_compute.
Defined.

Lemma no_node_asked_twice_witness : NoDup (a_asked the_search).
Proof. apply (no_node_asked_twice the_search), the_search_active. Defined.

(** A search that knows two nodes. *)
Definition two_nodes : DhtSearch :=
  with_restart (with_nodes (new_search true (replicate 20 9))
    [mkNode (replicate 20 8) (AF_INET (mkSin 1 2)) 0 false 0 None; mkNode (replicate 20 7) (AF_INET (mkSin 3 4)) 0 false 0 None]) true.

Lemma search_asks_closest_witness : exists n, n ∈ s_nodes two_nodes /\ n_id n = replicate 20 8 /\ node_uncontacted n = true /\
  Forall (fun m => node_uncontacted m = true ->
    distance (replicate 20 8) (replicate 20 9) <= distance (n_id m) (replicate 20 9)) (s_nodes two_nodes).
Proof.
  apply (search_asks_closest two_nodes [] 0 (Some (replicate 20 8)) (take_next (replicate 20 8) (trim false two_nodes))); [|done|done].
  split; try done; try (by vm_compute); repeat constructor; by apply (bool_decide_unpack _); vm_compute.
Defined.

(** ** Searches are not released *)

(** The shared pointers to a search: one in every entry of its own map, one in
    every query, and the one of [m_searches]. *)
Definition use_count (a : Activity) : nat :=
  (length (s_nodes (a_search a)) + length (a_queries a) + if a_listed a then 1 else 0)%nat.

(** An announce: the only node answers, is asked for peers and answers. *)
Definition whole_announce : res Activity :=
  a ← first_search true;
  '(_, a) ← handle 1001 any_number (nodes_arrived new_zero 0 []) a;
  '(_, a) ← handle 1002 any_number (peers_arrived 0 None false) a;
  Ok a.

(** All is done and the server has let go of the announce, but it refers to
    itself: its destructor, which tells the tracker the result, does not run. *)
Example announce_never_released :
  (match whole_announce with
   | Ok a => a_queries a = [] /\ a_listed a = false /\ DhtSearch.complete (a_search a) = true /\ use_count a = 1%nat /\
       a_events a = [receive_progress 0 1; set_dht_announce_state; receive_progress 0 1; receive_progress 1 1]
   | _ => False
   end).
Proof. vm_compute. done. Qed.

End Run.

End SearchActivity.
