(* ===== verification/ChokeQueue.v ===== *)
(** * Choke queues (src/torrent/download/choke_queue.cc, group_entry.h,
      src/torrent/peer/choke_status.h, src/protocol/peer_connection_base.cc)

    Module [GroupEntry]: the queued and the unchoked connections of one
    download.  Module [ChokeQueue]: the queue of a choke group, which shares
    its upload (or download) slots between the downloads of the group, with
    the slots it calls: [receive_upload_choke] and [receive_download_choke]
    of a connection, and the counter of the resource manager.

    The upload and the download side are two copies of the same structure; a
    [world] is one of them, and the operations take the side as [is_up].  A
    pointer to a connection or to a download is its name; a download owns its
    group entry, so a pointer to the entry is the name of the download. *)

From S2P Require Import Prelude.
Open Scope Z_scope.

(** What the code relies on of [std::sort] with a comparison of keys: a
    rearrangement in the order of the keys, in which elements of the same key
    come in any order. *)
Class Sorter := {
  sort_by {A} (key : A -> Z) (l : list A) : list A;
  sort_by_perm {A} (key : A -> Z) l : Permutation (sort_by key l) l;
  sort_by_sorted {A} (key : A -> Z) l : StronglySorted (fun a b => key a <= key b) (sort_by key l);
}.

(** Sums of integers. *)
Definition zsum {A} (f : A -> Z) (l : list A) : Z := foldr (fun a t => f a + t) 0 l.

Lemma zsum_app {A} (f : A -> Z) l k : zsum f (l ++ k) = zsum f l + zsum f k.
Proof. induction l as [|a l IH]; simpl; [done|]. rewrite IH. lia. Qed.

Lemma zsum_perm {A} (f : A -> Z) l k : Permutation l k -> zsum f l = zsum f k.
Proof. induction 1; simpl; lia. Qed.

Lemma zsum_ext {A} (f g : A -> Z) l : (forall a, a ∈ l -> f a = g a) -> zsum f l = zsum g l.
Proof.
  induction l as [|a l IH]; intros H; simpl; [done|]. rewrite (H a) by left. rewrite IH; [done|].
  intros b Hb. apply H. by right.
Qed.

Lemma zsum_nonneg {A} (f : A -> Z) l : (forall a, a ∈ l -> 0 <= f a) -> 0 <= zsum f l.
Proof.
  induction l as [|a l IH]; intros H; simpl; [done|]. pose proof (H a ltac:(left)).
  assert (0 <= zsum f l) by (apply IH; intros b Hb; apply H; by right). lia.
Qed.

Lemma zsum_insert {A} (f : A -> Z) l i a b : l !! i = Some a -> zsum f (<[i := b]> l) = zsum f l - f a + f b.
Proof.
  revert i. induction l as [|x l IH]; intros [|i] Hi; simplify_eq/=; [lia|]. rewrite (IH i Hi). lia.
Qed.

Lemma zsum_elem_le {A} (f : A -> Z) l i a : (forall b, b ∈ l -> 0 <= f b) -> l !! i = Some a -> f a <= zsum f l.
Proof.
  revert i. induction l as [|x l IH]; intros [|i] H Hi; simplify_eq/=.
  - assert (0 <= zsum f l) by (apply zsum_nonneg; intros b Hb; apply H; by right). lia.
  - pose proof (H x ltac:(left)). assert (f a <= zsum f l) by (apply (IH i); [intros b Hb; apply H; by right|done]). lia.
Qed.

Lemma zsum_add {A} (f g : A -> Z) l : zsum (fun a => f a + g a) l = zsum f l + zsum g l.
Proof. induction l as [|a l IH]; simpl; lia. Qed.

(** ** The entry of a download *)

Module GroupEntry.

Record weighted_connection := WC { wc_connection : nat; wc_weight : Z }.

Definition unlimited : Z := 2 ^ 32 - 1.

Record group_entry := GE {
  ge_max_slots : Z;
  ge_min_slots : Z;
  ge_queued : list weighted_connection;
  ge_unchoked : list weighted_connection;
}.

Definition new_entry : group_entry := GE unlimited 0 [] [].

Definition size_connections (e : group_entry) : Z := u32 (zlen (ge_queued e) + zlen (ge_unchoked e)).

Definition set_max_slots (s : Z) (e : group_entry) : group_entry :=
  GE s (ge_min_slots e) (ge_queued e) (ge_unchoked e).
Definition set_min_slots (s : Z) (e : group_entry) : group_entry :=
  GE (ge_max_slots e) s (ge_queued e) (ge_unchoked e).
Definition mutable_queued (e : group_entry) (l : list weighted_connection) : group_entry :=
  GE (ge_max_slots e) (ge_min_slots e) l (ge_unchoked e).
Definition mutable_unchoked (e : group_entry) (l : list weighted_connection) : group_entry :=
  GE (ge_max_slots e) (ge_min_slots e) (ge_queued e) l.

(** [std::find(first, last, pcb)] *)
Definition find_pcb (pcb : nat) (l : list weighted_connection) : option nat :=
  fst <$> list_find (fun v => wc_connection v = pcb) l.

(** [std::swap( *itr, back()); pop_back()] *)
Definition swap_pop {A} (i : nat) (l : list A) : list A :=
  match last l with
  | Some back => take (length l - 1) (<[i := back]> l)
  | None => l
  end.

Definition emplace_new (pcb : nat) (l : list weighted_connection) : res (list weighted_connection) :=
  match find_pcb pcb l with
  | Some _ => Throw internal_error
  | None => Ok (l ++ [WC pcb 0])
  end.

Definition remove_found (pcb : nat) (l : list weighted_connection) : res (list weighted_connection) :=
  match find_pcb pcb l with
  | Some i => Ok (swap_pop i l)
  | None => Throw internal_error
  end.

Definition connection_unchoked (e : group_entry) (pcb : nat) : res group_entry :=
  l ← emplace_new pcb (ge_unchoked e); Ok (mutable_unchoked e l).
Definition connection_queued (e : group_entry) (pcb : nat) : res group_entry :=
  l ← emplace_new pcb (ge_queued e); Ok (mutable_queued e l).
Definition connection_choked (e : group_entry) (pcb : nat) : res group_entry :=
  l ← remove_found pcb (ge_unchoked e); Ok (mutable_unchoked e l).
Definition connection_unqueued (e : group_entry) (pcb : nat) : res group_entry :=
  l ← remove_found pcb (ge_queued e); Ok (mutable_queued e l).

(** *** Properties *)

Definition ids (l : list weighted_connection) : list nat := wc_connection <$> l.

Lemma find_pcb_Some pcb l i : find_pcb pcb l = Some i ->
  exists l1 v l2, l = l1 ++ v :: l2 /\ length l1 = i /\ wc_connection v = pcb.
Proof.
  unfold find_pcb. intros (p & Hfind & Hp)%fmap_Some. destruct p as [j v]; simpl in *; subst j.
  apply list_find_Some in Hfind as (Hi & Hv & _). exists (take i l), v, (drop (S i) l).
  split_and!; [by rewrite take_drop_middle|rewrite length_take; apply lookup_lt_Some in Hi; lia|done].
Qed.

Lemma find_pcb_None pcb l : find_pcb pcb l = None <-> pcb ∉ ids l.
Proof.
  unfold find_pcb. rewrite fmap_None, list_find_None, Forall_forall. unfold ids. split.
  - intros Hall (v & -> & Hv)%list_elem_of_fmap. by apply (Hall v).
  - intros Hn v Hv Heq. apply Hn, list_elem_of_fmap. exists v. by rewrite Heq.
Qed.

Lemma find_pcb_in pcb l : pcb ∈ ids l -> exists i, find_pcb pcb l = Some i.
Proof. intros Hin. destruct (find_pcb pcb l) eqn:E; [eauto|]. by apply find_pcb_None in E. Qed.

Lemma swap_pop_perm {A} (l1 l2 : list A) v : Permutation (swap_pop (length l1) (l1 ++ v :: l2)) (l1 ++ l2).
Proof.
  unfold swap_pop. destruct l2 as [|x l2 _] using rev_ind.
  - rewrite last_snoc, length_app. cbn [length]. rewrite app_nil_r.
    rewrite insert_app_r_alt, Nat.sub_diag by done. simpl.
    rewrite take_app_le, take_ge by lia. done.
  - assert (last (l1 ++ v :: l2 ++ [x]) = Some x) as ->.
    { rewrite app_comm_cons, app_assoc. apply last_snoc. }
    rewrite insert_app_r_alt, Nat.sub_diag by done. simpl.
    replace (l1 ++ x :: l2 ++ [x]) with ((l1 ++ x :: l2) ++ [x]) by (by rewrite <- app_assoc).
    rewrite take_app_length' by (rewrite !length_app; simpl; rewrite length_app; simpl; lia).
    apply Permutation_app_head. rewrite Permutation_app_comm. done.
Qed.

(** Removing what is at the back is [pop_back]. *)
Lemma swap_pop_back {A} (l : list A) v : swap_pop (length l) (l ++ [v]) = l.
Proof.
  unfold swap_pop. rewrite last_snoc, length_app. cbn [length].
  rewrite insert_app_r_alt, Nat.sub_diag by done. simpl. rewrite take_app_le, take_ge by lia. done.
Qed.

Lemma emplace_new_ok pcb l : pcb ∉ ids l -> emplace_new pcb l = Ok (l ++ [WC pcb 0]).
Proof. intros Hn. unfold emplace_new. by apply find_pcb_None in Hn as ->. Qed.

Lemma remove_found_ok pcb l : pcb ∈ ids l -> exists l',
  remove_found pcb l = Ok l' /\ Permutation (pcb :: ids l') (ids l).
Proof.
  intros Hin. destruct (find_pcb_in _ _ Hin) as [i Hi]. unfold remove_found. rewrite Hi.
  eexists; split; [done|]. apply find_pcb_Some in Hi as (l1 & v & l2 & -> & <- & <-).
  unfold ids. rewrite swap_pop_perm, !fmap_app. simpl. by rewrite Permutation_middle.
Qed.

Lemma remove_found_missing pcb l : pcb ∉ ids l -> remove_found pcb l = Throw internal_error.
Proof. intros Hn. unfold remove_found. by apply find_pcb_None in Hn as ->. Qed.

Lemma remove_found_back (l : list weighted_connection) v : NoDup (ids (l ++ [v])) ->
  remove_found (wc_connection v) (l ++ [v]) = Ok l.
Proof.
  intros Hnd. unfold remove_found. destruct (find_pcb_in (wc_connection v) (l ++ [v])) as [i Hi].
  { unfold ids. rewrite fmap_app. apply elem_of_app. right. by apply list_elem_of_singleton. }
  rewrite Hi. pose proof (find_pcb_Some _ _ _ Hi) as (l1 & v' & l2 & Heq & Hlen & Hv').
  destruct l2 as [|x l2 _] using rev_ind.
  - apply app_inj_2 in Heq as [-> _]; [|done]. subst i. by rewrite swap_pop_back.
  - rewrite app_comm_cons, app_assoc in Heq. apply app_inj_2 in Heq as [-> [= ->]]; [|done].
    exfalso. unfold ids in Hnd. rewrite !fmap_app in Hnd. apply NoDup_app in Hnd as (_ & Hd & _).
    apply (Hd (wc_connection v')); [apply elem_of_app; right; left|].
    rewrite Hv'. by apply list_elem_of_singleton.
Qed.

End GroupEntry.

(** ** Sharing slots between the orders of weight *)

Module AllocateSlots.
Import GroupEntry.

Definition order_base : Z := 2 ^ 30.
Definition order_max_size : nat := 4.

(** [target[i]] and the bounds of its range [target[i].second] and
    [target[i + 1].second], as offsets into the container, with [weights[i]]. *)
Record order := Order { o_lo : nat; o_hi : nat; o_weight : Z; o_first : Z }.

Definition o_size (o : order) : Z := Z.of_nat (o_hi o) - Z.of_nat (o_lo o).

Definition set_first (n : Z) (o : order) : order := Order (o_lo o) (o_hi o) (o_weight o) n.

(** [weights[itr] == 0 || target[itr].first >= s] *)
Definition o_skip (o : order) : bool := (o_weight o =? 0) || (o_size o <=? o_first o).

(** [std::find_if] for the first connection whose weight is above the order. *)
Definition above (i : Z) (v : weighted_connection) : bool := u32 (u32 (i * order_base) + (order_base - 1)) <? wc_weight v.

Definition find_above (i : Z) (l : list weighted_connection) (from last : nat) : nat :=
  (from + length (fst (find_split (above i) (take (last - from) (drop from l)))))%nat.

(** The first loop: the ranges, all of them empty-handed. *)
Fixpoint split_orders (i : Z) (weights : list Z) (l : list weighted_connection) (from last : nat) : list order :=
  match weights with
  | [] => []
  | w :: weights =>
    let to := find_above i l from last in
    Order from to w 0 :: split_orders (i + 1) weights l to last
  end.

Definition weight_total (os : list order) : Z :=
  foldl (fun t o => if o_size o =? 0 then t else u32 (t + o_weight o)) 0 os.

(** One order of the second loop; the state is [unchoke] and [weightTotal]. *)
Definition share (base : Z) (st : Z * Z) (o : order) : (Z * Z) * order :=
  if o_skip o then (st, o)
  else
    let u := Z.min (u32 (o_size o - o_first o)) (u32 (base * o_weight o)) in
    let o' := set_first (u32 (o_first o + u)) o in
    ((u32 (fst st - u), if o_size o' <=? o_first o' then u32 (snd st - o_weight o') else snd st), o').

Fixpoint share_all (base : Z) (st : Z * Z) (os : list order) : (Z * Z) * list order :=
  match os with
  | [] => (st, [])
  | o :: os =>
    let '(st, o) := share base st o in
    let '(st, os) := share_all base st os in
    (st, o :: os)
  end.

Fixpoint share_loop (fuel : nat) (st : Z * Z) (os : list order) : res ((Z * Z) * list order) :=
  if negb (snd st =? 0) && (0 <? fst st / snd st) then
    match fuel with
    | O => UB
    | S fuel => let '(st, os) := share_all (fst st / snd st) st os in share_loop fuel st os
    end
  else Ok (st, os).

(** The search for the order of a random position; running off the table is
    an access out of range. *)
Fixpoint find_start (start : Z) (itr : nat) (os : list order) : res (Z * nat) :=
  match os with
  | [] => UB
  | o :: os =>
    if o_skip o then find_start start (S itr) os
    else if start <? o_weight o then Ok (start, itr)
    else find_start (u32 (start - o_weight o)) (S itr) os
  end.

Fixpoint spread_loop (fuel : nat) (itr : nat) (start : Z) (st : Z * Z) (os : list order) : res (list order) :=
  if negb (snd st =? 0) && negb (fst st =? 0) then
    match fuel with
    | O => UB
    | S fuel =>
      o ← of_deref (os !! itr);
      let next := ((itr + 1) mod order_max_size)%nat in
      if o_skip o then spread_loop fuel next start st os
      else
        let u := Z.min (fst st) (Z.min (u32 (o_size o - o_first o)) (u32 (o_weight o - start))) in
        let o' := set_first (u32 (o_first o + u)) o in
        let st' := (u32 (fst st - u), if o_size o' <=? o_first o' then u32 (snd st - o_weight o') else snd st) in
        spread_loop fuel next 0 st' (<[itr := o']> os)
    end
  else Ok os.

(** The fuel: a round of the second loop either fills an order or is the last,
    and a visit of the third loop to an order that is not full gives it a slot. *)
Definition share_fuel : nat := 5.
Definition spread_fuel (unchoke : Z) : nat := (4 * Z.to_nat unchoke + 4)%nat.

Definition choke_manager_allocate_slots (random : Z) (l : list weighted_connection) (first last : nat)
    (max : Z) (weights : list Z) : res (list order) :=
  let os := split_orders 0 weights l first last in
  '(st, os) ← share_loop share_fuel (max, weight_total os) os;
  let '(unchoke, weightTotal) := st in
  if negb (weightTotal =? 0) && negb (unchoke =? 0) then
    '(start, itr) ← find_start (random mod weightTotal) 0 os;
    spread_loop (spread_fuel unchoke) itr start st os
  else Ok os.

Definition given (os : list order) : Z := foldr (fun o t => o_first o + t) 0 os.
Definition room (os : list order) : Z := foldr (fun o t => o_size o + t) 0 os.

(** *** The allocation is exact *)

(** Weights are positive and small, ranges are ranges, and an order is never
    given more than its range holds. *)
Definition order_ok (o : order) : Prop :=
  (o_lo o <= o_hi o)%nat /\ o_size o < 2 ^ 31 /\ 0 < o_weight o < 2 ^ 16 /\ 0 <= o_first o <= o_size o.

(** The weight and the number of the orders that are not full. *)
Definition live_weight (os : list order) : Z := foldr (fun o t => if o_skip o then t else o_weight o + t) 0 os.
Definition nlive (os : list order) : nat := count (fun o => negb (o_skip o)) os.

(** What the loops never change. *)
Definition shape (o : order) : nat * nat * Z := (o_lo o, o_hi o, o_weight o).

Lemma o_skip_full o : order_ok o -> o_skip o = (o_first o =? o_size o).
Proof. intros (_ & _ & Hw & Hf). unfold o_skip. destruct (o_first o =? o_size o) eqn:E; lia. Qed.

Lemma live_weight_nonneg os : Forall order_ok os -> 0 <= live_weight os.
Proof. induction 1 as [|o os (_ & _ & ? & _) _ IH]; simpl; [lia|]. destruct (o_skip o); lia. Qed.

Lemma live_weight_small os : Forall order_ok os -> live_weight os <= 2 ^ 16 * zlen os.
Proof.
  induction 1 as [|o os (_ & _ & ? & _) _ IH]; simpl; [done|]. unfold zlen in *. cbn [length]. destruct (o_skip o); lia.
Qed.

Lemma given_le_room os : Forall order_ok os -> 0 <= given os <= room os.
Proof. induction 1 as [|o os (_ & _ & _ & ?) _ IH]; simpl; lia. Qed.

Lemma live_zero_full os : Forall order_ok os -> live_weight os = 0 -> given os = room os.
Proof.
  induction 1 as [|o os Ho Hos IH]; simpl; [done|]. rewrite o_skip_full by done.
  pose proof (live_weight_nonneg os Hos). destruct Ho as (_ & _ & ? & ?).
  destruct (o_first o =? o_size o) eqn:E; intros; [rewrite IH by done|]; lia.
Qed.

Lemma live_exists os : live_weight os <> 0 -> exists j o, os !! j = Some o /\ o_skip o = false.
Proof.
  induction os as [|o os IH]; simpl; [done|]. destruct (o_skip o) eqn:E; [|exists 0%nat, o; done].
  intros (j & o' & Hj & Ho')%IH. by exists (S j), o'.
Qed.

Lemma room_shape os os' : shape <$> os = shape <$> os' -> room os = room os'.
Proof.
  revert os'. induction os as [|o os IH]; intros [|o' os'] [=]; simpl; [done|].
  erewrite IH by done. unfold o_size. congruence.
Qed.

(** One visit: an order that is not full gets [u] slots, and leaves the total
    when that fills it. *)
Definition fill (u : Z) (o : order) : order := set_first (o_first o + u) o.

Lemma fill_ok u o : order_ok o -> 0 <= u <= o_size o - o_first o -> order_ok (fill u o).
Proof. intros (? & ? & ? & ?) Hu. unfold fill, order_ok, o_size in *; cbn in *. lia. Qed.

Lemma share_visit base o : order_ok o -> o_skip o = false -> 0 <= base -> base * o_weight o < 2 ^ 32 ->
  exists u, 0 <= u <= o_size o - o_first o /\ u <= base * o_weight o
    /\ (o_skip (fill u o) = false -> u = base * o_weight o)
    /\ forall a b, o_weight o <= b < 2 ^ 32 -> u <= a < 2 ^ 32 ->
       share base (a, b) o = ((a - u, if o_skip (fill u o) then b - o_weight o else b), fill u o).
Proof.
  intros Hok Hskip Hb Hlt. pose proof Hok as (Hr & Hs & Hw & Hf).
  exists (Z.min (o_size o - o_first o) (base * o_weight o)).
  assert (Hfill : order_ok (fill (Z.min (o_size o - o_first o) (base * o_weight o)) o)) by (apply fill_ok; [done|nia]).
  split_and!; [nia|lia|nia| |].
  - rewrite o_skip_full by done. unfold fill, o_size in *; cbn in *. lia.
  - intros a b Hwb Hua. unfold share. rewrite Hskip. cbn [fst snd].
    rewrite (u32_small (o_size o - _)) by lia. rewrite (u32_small (base * _)) by nia.
    rewrite (u32_small (o_first o + _)) by nia. rewrite (u32_small (a - _)) by nia.
    change (set_first _ o) with (fill (Z.min (o_size o - o_first o) (base * o_weight o)) o).
    rewrite o_skip_full by done. destruct Hfill as (_ & _ & _ & Hff).
    change (o_weight (fill _ o)) with (o_weight o). rewrite (u32_small (b - _)) by lia.
    f_equal. f_equal. match goal with |- (if ?x then _ else _) = (if ?y then _ else _) => assert (x = y) as -> by lia end. done.
Qed.

Lemma live_weight_cons o os : live_weight (o :: os) = (if o_skip o then 0 else o_weight o) + live_weight os.
Proof. simpl. destruct (o_skip o); lia. Qed.

Lemma nlive_cons o os : nlive (o :: os) = ((if o_skip o then 0 else 1) + nlive os)%nat.
Proof. unfold nlive. rewrite count_cons. by destruct (o_skip o). Qed.

Lemma given_cons o os : given (o :: os) = o_first o + given os.
Proof. done. Qed.

Lemma share_all_spec base W os u : Forall order_ok os -> 0 <= base -> 0 <= W ->
  live_weight os + W < 2 ^ 32 -> base * live_weight os <= u < 2 ^ 32 ->
  exists u' os', share_all base (u, live_weight os + W) os = ((u', live_weight os' + W), os')
    /\ Forall order_ok os' /\ shape <$> os' = shape <$> os
    /\ u' + given os' = u + given os /\ u - base * live_weight os <= u' <= u
    /\ live_weight os' <= live_weight os /\ (nlive os' <= nlive os)%nat
    /\ (nlive os' = nlive os -> u' = u - base * live_weight os /\ live_weight os' = live_weight os).
Proof.
  intros Hos Hb. revert u W. induction Hos as [|o os Ho Hos IH]; intros u W HW Hlt Hu.
  { exists u, []. split_and!; try done; simpl in *; lia. }
  pose proof (live_weight_nonneg os Hos) as Hlw. pose proof Ho as (_ & _ & Hw & _).
  rewrite live_weight_cons in *. cbn [share_all]. destruct (o_skip o) eqn:Hskip.
  - destruct (IH u W) as (u' & os' & Heq & Hok' & Hsh & Hg & Hu' & Hl & Hn & Hd); [lia..|].
    exists u', (o :: os'). unfold share. rewrite Hskip. rewrite Z.add_0_l in *. rewrite Heq.
    rewrite live_weight_cons, !nlive_cons, !given_cons, Hskip, !fmap_cons.
    split_and!; [done|by constructor|by f_equal|lia..|]. intros He. apply Hd. lia.
  - destruct (share_visit base o Ho Hskip Hb ltac:(nia)) as (u0 & Hu0 & Hle & Hnf & Hsh0).
    rewrite Hsh0 by nia.
    set (k := if o_skip (fill u0 o) then 0 else o_weight o).
    assert (Hk : (if o_skip (fill u0 o) then o_weight o + live_weight os + W - o_weight o
                  else o_weight o + live_weight os + W) = live_weight os + (W + k)).
    { unfold k. destruct (o_skip (fill u0 o)); lia. }
    assert (Hk0 : 0 <= k <= o_weight o) by (unfold k; destruct (o_skip (fill u0 o)); lia).
    rewrite Hk. destruct (IH (u - u0) (W + k)) as (u' & os' & Heq & Hok' & Hsh & Hg & Hu' & Hl & Hn & Hd); [lia..|nia|].
    exists u', (fill u0 o :: os'). rewrite Heq. rewrite live_weight_cons, !nlive_cons, !given_cons, Hskip, !fmap_cons.
    change (o_weight (fill u0 o)) with (o_weight o). fold k.
    change (o_first (fill u0 o)) with (o_first o + u0).
    split_and!; [f_equal; f_equal; lia|constructor; [by apply fill_ok|done]|by f_equal|lia|nia|nia|lia| |].
    1: destruct (o_skip (fill u0 o)); lia.
    intros He. unfold k in *. destruct (o_skip (fill u0 o)) eqn:E; [lia|].
    destruct (Hd ltac:(lia)) as [-> ->]. rewrite (Hnf eq_refl). lia.
Qed.

(** The second loop ends, with every order full or fewer slots left than the
    weight of the others. *)
Lemma share_loop_spec fuel os u : Forall order_ok os -> live_weight os < 2 ^ 32 -> 0 <= u < 2 ^ 32 ->
  (S (nlive os) <= fuel)%nat ->
  exists u' os', share_loop fuel (u, live_weight os) os = Ok ((u', live_weight os'), os')
    /\ Forall order_ok os' /\ shape <$> os' = shape <$> os /\ u' + given os' = u + given os /\ 0 <= u' <= u
    /\ live_weight os' <= live_weight os /\ (live_weight os' = 0 \/ u' < live_weight os').
Proof.
  revert os u. induction fuel as [|fuel IH]; intros os u Hos Hlt Hu Hfuel; [lia|].
  pose proof (live_weight_nonneg os Hos) as Hlw. cbn [share_loop fst snd].
  destruct (negb (live_weight os =? 0) && (0 <? u / live_weight os)) eqn:Hc.
  2:{ exists u, os. split_and!; try done; try lia. destruct (Z.eq_dec (live_weight os) 0) as [|Hnz]; [lia|]. right.
      apply Z.eqb_neq in Hnz as Hb. rewrite Hb in Hc. apply Z.ltb_ge in Hc.
      destruct (Z_lt_le_dec u (live_weight os)) as [|Hge]; [done|].
      assert (1 <= u / live_weight os) by (apply Z.div_le_lower_bound; lia). lia. }
  apply andb_true_iff in Hc as [Hnz Hq]. apply negb_true_iff, Z.eqb_neq in Hnz. apply Z.ltb_lt in Hq.
  assert (Hmul : u / live_weight os * live_weight os <= u) by (rewrite Z.mul_comm; apply Z.mul_div_le; lia).
  destruct (share_all_spec (u / live_weight os) 0 os u) as (u1 & os1 & Heq & Hok1 & Hsh1 & Hg1 & Hu1 & Hl1 & Hn1 & Hd1);
    [done|lia|lia|lia|lia|].
  rewrite !Z.add_0_r in Heq. rewrite Heq.
  destruct (decide (nlive os1 = nlive os)) as [He|Hne].
  - destruct (Hd1 He) as [Hu1' Hlw1].
    assert (u1 < live_weight os).
    { rewrite Hu1'. pose proof (Z.mul_succ_div_gt u (live_weight os) ltac:(lia)). nia. }
    exists u1, os1. split_and!; try done; try lia.
    destruct fuel; cbn [share_loop fst snd]; rewrite (Z.div_small u1), andb_false_r by lia; done.
  - destruct (IH os1 u1) as (u2 & os2 & Heq2 & Hok2 & Hsh2 & Hg2 & Hu2 & Hl2 & Hd2); [done|lia|lia|lia|].
    exists u2, os2. split_and!; try done; try lia. by rewrite Hsh2.
Qed.

Lemma find_start_spec os start itr : Forall order_ok os -> 0 <= start < live_weight os -> live_weight os < 2 ^ 32 ->
  exists start' k o, find_start start itr os = Ok (start', (itr + k)%nat) /\ os !! k = Some o /\ o_skip o = false
    /\ 0 <= start' < o_weight o.
Proof.
  intros Hos. revert start itr. induction Hos as [|o os Ho Hos IH]; intros start itr Hst Hlt; [simpl in *; lia|].
  pose proof (live_weight_nonneg os Hos) as Hlw. pose proof Ho as (_ & _ & Hw & _).
  rewrite live_weight_cons in *. cbn [find_start]. destruct (o_skip o) eqn:Hskip.
  - destruct (IH start (S itr)) as (st & k & o' & Heq & Hk & Ho'); [lia..|].
    exists st, (S k), o'. rewrite Heq. split; [f_equal; f_equal; lia|done].
  - destruct (Z.ltb_spec start (o_weight o)).
    + exists start, 0%nat, o. rewrite Nat.add_0_r. split_and!; [done..|lia|lia].
    + destruct (IH (start - o_weight o) (S itr)) as (st & k & o' & Heq & Hk & Ho'); [lia..|].
      exists st, (S k), o'. rewrite u32_small, Heq by lia. split; [f_equal; f_equal; lia|done].
Qed.

(** Filling one order in place. *)
Lemma fill_at os i o u : Forall order_ok os -> os !! i = Some o -> o_skip o = false -> 0 <= u <= o_size o - o_first o ->
  Forall order_ok (<[i := fill u o]> os) /\ shape <$> <[i := fill u o]> os = shape <$> os
  /\ given (<[i := fill u o]> os) = given os + u
  /\ live_weight (<[i := fill u o]> os) = live_weight os - (if o_skip (fill u o) then o_weight o else 0).
Proof.
  intros Hos. revert i. induction Hos as [|o' os Ho' Hos IH]; intros [|i] Hi Hskip Hu; try done; simpl in Hi; simplify_eq.
  - split_and!; [constructor; [by apply fill_ok|done]|done|cbn; lia|].
    change (<[0%nat := fill u o]> (o :: os)) with (fill u o :: os). rewrite !live_weight_cons, Hskip.
    change (o_weight (fill u o)) with (o_weight o). destruct (o_skip (fill u o)); lia.
  - destruct (IH i) as (H1 & H2 & H3 & H4); [done..|].
    change (<[S i := fill u o]> (o' :: os)) with (o' :: <[i := fill u o]> os).
    rewrite !live_weight_cons, !given_cons, !fmap_cons.
    split_and!; [by constructor|by f_equal|lia|lia].
Qed.

Lemma live_le_weight os i o : Forall order_ok os -> os !! i = Some o -> o_skip o = false -> o_weight o <= live_weight os.
Proof.
  intros Hos. revert i. induction Hos as [|o' os Ho' Hos IH]; intros [|i] Hi Hskip; try done; simpl in Hi; simplify_eq;
    rewrite live_weight_cons; pose proof (live_weight_nonneg os Hos).
  - rewrite Hskip. lia.
  - pose proof (IH i Hi Hskip). destruct Ho' as (_ & _ & ? & _). destruct (o_skip o'); lia.
Qed.

(** Positions on the ring of orders. *)
Lemma ring_lt n : (n mod 4 < 4)%nat.
Proof. by apply Nat.mod_upper_bound. Qed.

Lemma ring_step i k : (((i + 1) mod 4 + k) mod 4 = (i + S k) mod 4)%nat.
Proof. rewrite Nat.Div0.add_mod_idemp_l. f_equal. lia. Qed.

Lemma ring_reach i j : (i < 4)%nat -> (j < 4)%nat -> ((i + (j + 4 - i) mod 4) mod 4 = j)%nat.
Proof.
  intros Hi Hj. rewrite Nat.Div0.add_mod_idemp_r. replace (i + (j + 4 - i))%nat with (j + 1 * 4)%nat by lia.
  rewrite Nat.Div0.mod_add. by apply Nat.mod_small.
Qed.

(** The third loop ends with every slot given or every order full. *)
Lemma spread_loop_spec fuel os itr k o start u : Forall order_ok os -> length os = order_max_size ->
  live_weight os < 2 ^ 32 -> 0 <= u < 2 ^ 32 -> (itr < order_max_size)%nat -> (k < order_max_size)%nat ->
  os !! ((itr + k) mod order_max_size)%nat = Some o -> o_skip o = false ->
  (start = 0 \/ (k = 0%nat /\ 0 <= start < o_weight o)) -> (4 * Z.to_nat u + k < fuel)%nat ->
  exists os', spread_loop fuel itr start (u, live_weight os) os = Ok os'
    /\ Forall order_ok os' /\ shape <$> os' = shape <$> os
    /\ given os' = Z.min (u + given os) (room os).
Proof.
  unfold order_max_size. revert os itr k o start u.
  induction fuel as [|fuel IH]; intros os itr k o start u Hos Hlen Hlt Hu Hitr Hk Ho Hskip Hst Hfuel; [lia|].
  pose proof (live_weight_nonneg os Hos) as Hlw. pose proof (given_le_room os Hos) as Hgr. cbn [spread_loop fst snd].
  destruct (live_weight os =? 0) eqn:Hz; cbn [negb andb].
  { apply Z.eqb_eq in Hz. exists os. split_and!; try done. pose proof (live_zero_full os Hos Hz). lia. }
  destruct (u =? 0) eqn:Hu0; cbn [negb].
  { apply Z.eqb_eq in Hu0. exists os. split_and!; try done. lia. }
  apply Z.eqb_neq in Hz, Hu0.
  destruct (lookup_lt_is_Some_2 os itr ltac:(lia)) as [oi Hoi]. rewrite Hoi. res_simpl.
  destruct (o_skip oi) eqn:Hs.
  { destruct k as [|k].
    { rewrite Nat.add_0_r, Nat.mod_small in Ho by lia. congruence. }
    destruct Hst as [->|[? _]]; [|lia].
    apply (IH os ((itr + 1) mod 4)%nat k o); try done; [apply ring_lt|lia|by rewrite ring_step|by left|lia]. }
  assert (Hst' : 0 <= start < o_weight oi).
  { pose proof (proj1 (Forall_lookup _ _) Hos _ _ Hoi) as (_ & _ & Hw & _). destruct Hst as [->|[-> Hst]]; [lia|].
    rewrite Nat.add_0_r, Nat.mod_small in Ho by lia. congruence. }
  clear Ho Hskip Hst o. rename oi into o, Hs into Hskip.
  pose proof (proj1 (Forall_lookup _ _) Hos _ _ Hoi) as Hok. pose proof Hok as (_ & Hsz & Hw & Hf).
  assert (Hfull : o_first o < o_size o) by (rewrite o_skip_full in Hskip by done; lia).
    pose proof (live_le_weight os itr o Hos Hoi Hskip) as Hwl.
    rewrite (u32_small (o_size o - _)), (u32_small (o_weight o - _)) by lia.
    set (v := Z.min u (Z.min (o_size o - o_first o) (o_weight o - start))).
    assert (Hv : 1 <= v <= u /\ v <= o_size o - o_first o) by (unfold v; lia).
    rewrite (u32_small (o_first o + v)), (u32_small (u - v)) by lia.
    change (set_first (o_first o + v) o) with (fill v o).
    destruct (fill_at os itr o v) as (Hos' & Hsh' & Hg' & Hl'); [done..|lia|].
    assert (Hwt : (if o_size (fill v o) <=? o_first (fill v o) then u32 (live_weight os - o_weight (fill v o))
                   else live_weight os) = live_weight (<[itr := fill v o]> os)).
    { rewrite Hl', o_skip_full by (apply fill_ok; [done|lia]). change (o_weight (fill v o)) with (o_weight o).
      rewrite u32_small by lia. assert (Hfo : order_ok (fill v o)) by (apply fill_ok; [done|lia]).
      destruct Hfo as (_ & _ & _ & Hfo). destruct (o_first (fill v o) =? o_size (fill v o)) eqn:E1;
      destruct (o_size (fill v o) <=? o_first (fill v o)) eqn:E2; lia. }
    rewrite Hwt. assert (Hlen' : length (<[itr := fill v o]> os) = 4%nat) by (by rewrite length_insert).
    assert (Hroom : room (<[itr := fill v o]> os) = room os) by (by apply room_shape).
    pose proof (live_weight_nonneg _ Hos') as Hlw'.
    destruct (decide (live_weight (<[itr := fill v o]> os) = 0)) as [Hz'|Hnz'].
    + exists (<[itr := fill v o]> os). split_and!; try done.
      * destruct fuel; [lia|]. cbn [spread_loop fst snd]. by rewrite Hz'.
      * pose proof (live_zero_full _ Hos' Hz'). lia.
    + destruct (live_exists _ Hnz') as (j & oj & Hj & Hjs). apply lookup_lt_Some in Hj as Hjl. rewrite Hlen' in Hjl.
      destruct (IH (<[itr := fill v o]> os) ((itr + 1) mod 4)%nat ((j + 4 - (itr + 1) mod 4) mod 4)%nat oj 0 (u - v))
        as (os' & Heq & H1 & H2 & H3); [done|done|destruct (o_skip (fill v o)); lia|lia|apply ring_lt|apply ring_lt| |done|by left| |].
      { by rewrite ring_reach by (done || apply ring_lt). }
      { pose proof (ring_lt (j + 4 - (itr + 1) mod 4)). lia. }
      exists os'. split_and!; [exact Heq|done|by rewrite H2|]. rewrite H3, Hroom, Hg'. f_equal. lia.
Qed.

(** The ranges follow one another. *)
Fixpoint chain (a b : nat) (os : list order) : Prop :=
  match os with
  | [] => a = b
  | o :: os => o_lo o = a /\ (a <= o_hi o)%nat /\ chain (o_hi o) b os
  end.

Lemma chain_shape a b os os' : shape <$> os = shape <$> os' -> chain a b os -> chain a b os'.
Proof.
  revert a os'. induction os as [|o os IH]; intros a [|o' os'] Heq Hc; try done. destruct Hc as (Hlo & Hle & Hc).
  rewrite !fmap_cons in Heq. injection Heq as Hlo2 Hhi2 Hw2 Hos. cbn [chain].
  rewrite <- Hhi2, <- Hlo2. split_and!; [done|done|by apply IH].
Qed.

Lemma chain_room a b os : chain a b os -> (a <= b)%nat /\ room os = Z.of_nat b - Z.of_nat a.
Proof.
  revert a. induction os as [|o os IH]; intros a; cbn [chain room foldr]; [intros ->; lia|].
  intros (<- & Hle & Hc). apply IH in Hc. unfold room, o_size in *. lia.
Qed.

Lemma find_above_range i l from last : (from <= last <= length l)%nat -> (from <= find_above i l from last <= last)%nat.
Proof.
  intros H. unfold find_above. pose proof (find_split_app (above i) (take (last - from) (drop from l))) as E.
  apply (f_equal length) in E. rewrite length_app, length_take, length_drop in E. lia.
Qed.

(** No 32-bit weight is above the last order. *)
Lemma find_above_last l from last : (from <= last <= length l)%nat -> Forall (fun v => is_u32 (wc_weight v)) l ->
  find_above 3 l from last = last.
Proof.
  intros H Hw. unfold find_above. destruct (find_split (above 3) (take (last - from) (drop from l))) as [pre post] eqn:E.
  pose proof (find_split_app (above 3) (take (last - from) (drop from l))) as Happ. rewrite E in Happ. cbn [fst snd] in Happ |- *.
  assert (post = []) as ->.
  { destruct post as [|v post]; [done|]. pose proof (find_split_post (above 3) (take (last - from) (drop from l)) v post) as Hp.
    rewrite E in Hp. specialize (Hp eq_refl). exfalso.
    assert (Hv : v ∈ l).
    { assert (v ∈ take (last - from) (drop from l)) as Hin by (rewrite <- Happ; apply elem_of_app; right; left).
      apply elem_of_take in Hin as (k & Hk & _). rewrite lookup_drop in Hk. by apply list_elem_of_lookup_2 in Hk. }
    pose proof (proj1 (Forall_forall _ _) Hw v Hv) as Hr. unfold above, order_base, is_u32 in *.
    change (u32 (u32 (3 * 2 ^ 30) + (2 ^ 30 - 1))) with (2 ^ 32 - 1) in Hp. lia. }
  rewrite app_nil_r in Happ. rewrite Happ, length_take, length_drop. lia.
Qed.

Lemma split_orders_spec ws i l from last : (from <= last <= length l)%nat -> (zlen l < 2 ^ 31) ->
  Forall (fun v => is_u32 (wc_weight v)) l -> Forall (fun w => 0 < w < 2 ^ 16) ws ->
  0 <= i -> i + zlen ws = 4 -> (0 < length ws)%nat ->
  let os := split_orders i ws l from last in
  chain from last os /\ Forall order_ok os /\ length os = length ws /\ given os = 0.
Proof.
  intros Hr Hlen Hl Hws Hi. revert i from Hi Hr. induction Hws as [|w ws Hw Hws IH]; intros i from Hi Hr Hsum Hne; [simpl in Hne; lia|].
  cbn [split_orders chain]. pose proof (find_above_range i l from last Hr) as Hfr.
  assert (Hord : order_ok (Order from (find_above i l from last) w 0)).
  { unfold order_ok, o_size; cbn. unfold zlen in Hlen. split_and!; lia. }
  unfold zlen in *. cbn [length] in *. destruct ws as [|w' ws].
  - cbn in Hsum. replace i with 3 in * by lia. cbn [split_orders chain]. rewrite find_above_last in * by done.
    split_and!; try done; [cbn; lia|by constructor].
  - destruct (IH (i + 1) (find_above i l from last)) as (Hc & Hok & Hlen' & Hg); [lia|lia|cbn [length] in *; lia|cbn; lia|].
    split_and!; [done|cbn; lia|done|by constructor|cbn [length] in *; lia|]. rewrite given_cons, Hg. done.
Qed.

Lemma weight_total_live os : Forall order_ok os -> Forall (fun o => o_first o = 0) os -> (length os <= 4)%nat ->
  weight_total os = live_weight os.
Proof.
  intros Hos Hf Hlen. unfold weight_total.
  enough (Hg : forall t, 0 <= t -> t + live_weight os < 2 ^ 32 ->
    foldl (fun t o => if o_size o =? 0 then t else u32 (t + o_weight o)) t os = t + live_weight os).
  { rewrite Hg; [lia..|]. pose proof (live_weight_small os Hos). unfold zlen in *. lia. }
  clear Hlen. induction Hos as [|o os Ho Hos IH]; intros t Ht Hlt; cbn [foldl]; [simpl; lia|].
  apply Forall_cons in Hf as [Hf0 Hf]. rewrite live_weight_cons in *. rewrite o_skip_full in * by done. rewrite Hf0 in *.
  pose proof (live_weight_nonneg os Hos). destruct Ho as (_ & _ & Hw & _).
  destruct (Z.eqb_spec (o_size o) 0) as [Hz|Hz]; destruct (Z.eqb_spec 0 (o_size o)); try lia.
  - rewrite IH by (done || lia). lia.
  - rewrite u32_small, IH by (done || lia). lia.
Qed.

Lemma split_orders_first ws i l from last : Forall (fun o => o_first o = 0) (split_orders i ws l from last).
Proof. revert i from. induction ws; intros; cbn [split_orders]; constructor; auto. Qed.

Lemma nlive_le os : (nlive os <= length os)%nat.
Proof. apply count_le. Qed.

Lemma allocate_exact random l first last max weights : 0 <= random -> (first <= last <= length l)%nat ->
  zlen l < 2 ^ 31 -> Forall (fun v => is_u32 (wc_weight v)) l ->
  length weights = order_max_size -> Forall (fun w => 0 < w < 2 ^ 16) weights -> is_u32 max ->
  exists os, choke_manager_allocate_slots random l first last max weights = Ok os
    /\ chain first last os /\ Forall order_ok os /\ length os = order_max_size
    /\ given os = Z.min max (Z.of_nat last - Z.of_nat first).
Proof.
  intros Hrnd Hr Hlen Hl Hwl Hws Hmax. unfold choke_manager_allocate_slots.
  destruct (split_orders_spec weights 0 l first last) as (Hc & Hos & Hlo & Hg);
    [done..|unfold zlen; rewrite Hwl; done|rewrite Hwl; unfold order_max_size; lia|].
  set (os := split_orders 0 weights l first last) in *.
  rewrite (weight_total_live os) by (done || apply split_orders_first || (rewrite Hlo, Hwl; unfold order_max_size; lia)).
  pose proof (live_weight_small os Hos) as Hsm. unfold zlen in Hsm. rewrite Hlo, Hwl in Hsm. unfold order_max_size in *.
  destruct (share_loop_spec share_fuel os max) as (u & os1 & Heq & Hos1 & Hsh1 & Hg1 & Hu1 & Hl1 & Hend);
    [done|lia|done|unfold share_fuel; pose proof (nlive_le os); lia|].
  rewrite Heq. res_simpl. unfold is_u32 in Hmax.
  pose proof (chain_room _ _ _ Hc) as [_ Hroom]. pose proof (room_shape _ _ Hsh1) as Hroom1.
  pose proof (given_le_room os1 Hos1). pose proof (live_weight_nonneg os1 Hos1).
  assert (Hlen1 : length os1 = 4%nat) by (apply (f_equal length) in Hsh1; rewrite !length_fmap in Hsh1; lia).
  assert (Hsh1' : chain first last os1) by (by eapply chain_shape).
  destruct (Z.eqb_spec (live_weight os1) 0) as [Hz|Hz]; cbn [negb andb].
  { exists os1. split_and!; try done. pose proof (live_zero_full os1 Hos1 Hz). lia. }
  destruct (Z.eqb_spec u 0) as [Hu0|Hu0]; cbn [negb]; [exists os1; split_and!; try done; lia|].
  pose proof (Z.mod_pos_bound random (live_weight os1) ltac:(lia)).
  destruct (find_start_spec os1 (random mod live_weight os1) 0) as (start & k & o & Hfs & Hk & Hskip & Hst); [done|lia|lia|].
  rewrite Hfs. res_simpl. apply lookup_lt_Some in Hk as Hkl.
  destruct (spread_loop_spec (spread_fuel u) os1 k 0 o start u) as (os2 & Heq2 & Hos2 & Hsh2 & Hg2); try done;
    [unfold order_max_size; lia..|rewrite Nat.add_0_r, Nat.mod_small by (unfold order_max_size; lia); done|by right|unfold spread_fuel; lia|].
  exists os2. split_and!; [done|by eapply chain_shape|done| |lia].
  apply (f_equal length) in Hsh2. rewrite !length_fmap in Hsh2. lia.
Qed.

End AllocateSlots.

(** ** The queue *)

Module ChokeQueue.
Import GroupEntry AllocateSlots.

(** [choke_status], for the side of the world. *)
Record choke_status := CS {
  cs_entry : nat;
  cs_queued : bool;
  cs_unchoked : bool;
  cs_snubbed : bool;
  cs_time_last_choke : Z;
}.

Definition set_cs_queued (b : bool) (s : choke_status) : choke_status :=
  CS (cs_entry s) b (cs_unchoked s) (cs_snubbed s) (cs_time_last_choke s).
Definition set_cs_unchoked (b : bool) (t : Z) (s : choke_status) : choke_status :=
  CS (cs_entry s) (cs_queued s) b (cs_snubbed s) t.
Definition set_cs_snubbed (b : bool) (s : choke_status) : choke_status :=
  CS (cs_entry s) (cs_queued s) (cs_unchoked s) b (cs_time_last_choke s).

(** The fields of [PeerConnectionBase] the queue's calls read and write. *)
Record peer := Peer {
  pc_choke : choke_status;
  pc_send_choked : bool;
  pc_down_unchoked : bool;
  pc_down_interested : bool;
  pc_send_interested : bool;
  pc_try_request : bool;
}.

Definition set_choke (s : choke_status) (p : peer) : peer :=
  Peer s (pc_send_choked p) (pc_down_unchoked p) (pc_down_interested p) (pc_send_interested p) (pc_try_request p).

(** A download: its choke group, its group entry and the counter of unchoked
    connections of its [DownloadInfo]. *)
Record download := Download { dl_group : nat; dl_entry : group_entry; dl_unchoked : Z }.

Inductive heuristics_enum :=
  | HEURISTICS_UPLOAD_LEECH
  | HEURISTICS_UPLOAD_SEED
  | HEURISTICS_UPLOAD_LEECH_EXPERIMENTAL
  | HEURISTICS_DOWNLOAD_LEECH
  | HEURISTICS_MAX_SIZE.

Definition flag_unchoke_all_new : Z := 1.

Record choke_queue := CQ {
  cq_flags : Z;
  cq_heuristics : heuristics_enum;
  cq_max_unchoked : Z;
  cq_currently_queued : Z;
  cq_currently_unchoked : Z;
  cq_group_container : list nat;
}.

Definition new_queue (flags : Z) (h : heuristics_enum) : choke_queue := CQ flags h unlimited 0 0 [].

Definition is_unlimited (q : choke_queue) : bool := cq_max_unchoked q =? unlimited.
Definition size_unchoked (q : choke_queue) : Z := cq_currently_unchoked q.
Definition size_queued (q : choke_queue) : Z := cq_currently_queued q.
Definition size_total (q : choke_queue) : Z := u32 (size_unchoked q + size_queued q).
Definition is_full (q : choke_queue) : bool := negb (is_unlimited q) && (cq_max_unchoked q <=? size_unchoked q).

Definition set_counts (queued unchoked : Z) (q : choke_queue) : choke_queue :=
  CQ (cq_flags q) (cq_heuristics q) (cq_max_unchoked q) queued unchoked (cq_group_container q).
Definition set_max_unchoked (v : Z) (q : choke_queue) : choke_queue :=
  CQ (cq_flags q) (cq_heuristics q) v (cq_currently_queued q) (cq_currently_unchoked q) (cq_group_container q).
Definition set_heuristics (h : heuristics_enum) (q : choke_queue) : choke_queue :=
  CQ (cq_flags q) h (cq_max_unchoked q) (cq_currently_queued q) (cq_currently_unchoked q) (cq_group_container q).
Definition set_group_container (l : list nat) (q : choke_queue) : choke_queue :=
  CQ (cq_flags q) (cq_heuristics q) (cq_max_unchoked q) (cq_currently_queued q) (cq_currently_unchoked q) l.

Definition modify_currently_queued (v : Z) (q : choke_queue) : choke_queue :=
  set_counts (u32 (cq_currently_queued q + v)) (cq_currently_unchoked q) q.
Definition modify_currently_unchoked (v : Z) (q : choke_queue) : choke_queue :=
  set_counts (cq_currently_queued q) (u32 (cq_currently_unchoked q + v)) q.

(** [w_currently] and [w_max] are the counter and the limit the resource
    manager keeps for this side; [w_random] counts the calls of [::random()]. *)
Record world := World {
  w_peers : gmap nat peer;
  w_downloads : gmap nat download;
  w_queues : list choke_queue;
  w_currently : Z;
  w_max : Z;
  w_random : nat;
}.

Definition set_peers (m : gmap nat peer) (w : world) : world :=
  World m (w_downloads w) (w_queues w) (w_currently w) (w_max w) (w_random w).
Definition set_downloads (m : gmap nat download) (w : world) : world :=
  World (w_peers w) m (w_queues w) (w_currently w) (w_max w) (w_random w).
Definition set_queues (l : list choke_queue) (w : world) : world :=
  World (w_peers w) (w_downloads w) l (w_currently w) (w_max w) (w_random w).
Definition set_currently (n : Z) (w : world) : world :=
  World (w_peers w) (w_downloads w) (w_queues w) n (w_max w) (w_random w).
Definition set_random (n : nat) (w : world) : world :=
  World (w_peers w) (w_downloads w) (w_queues w) (w_currently w) (w_max w) n.

Definition update_peer (c : nat) (f : peer -> peer) (w : world) : world := set_peers (alter f c (w_peers w)) w.
Definition update_status (c : nat) (f : choke_status -> choke_status) : world -> world :=
  update_peer c (fun p => set_choke (f (pc_choke p)) p).
Definition update_queue (q : nat) (f : choke_queue -> choke_queue) (w : world) : world :=
  set_queues (alter f q (w_queues w)) w.
Definition update_info (d : nat) (n : Z) : world -> world := fun w =>
  set_downloads (alter (fun x => Download (dl_group x) (dl_entry x) (u32 (dl_unchoked x + n))) d (w_downloads w)) w.
Definition set_entry (d : nat) (e : group_entry) (w : world) : world :=
  set_downloads (alter (fun x => Download (dl_group x) e (dl_unchoked x)) d (w_downloads w)) w.

(** What the heuristics see of a connection besides the choke state of this
    side, the clock and the random numbers. *)
Record environment := Env {
  env_now : Z;
  env_random : nat -> Z;
  env_download_rate : nat -> Z;
  env_upload_rate : nat -> Z;
  env_is_preferred : nat -> bool;
  env_down_local_unchoked : nat -> bool;
  env_up_time_last_choke : nat -> Z;
}.

Section operations.
Context `{!Sorter}.
Variable is_up : bool.
Variable env : environment.

(** *** The slots *)

(** [group_entry] operations through the status' pointer. *)
Definition on_entry (d : nat) (f : group_entry -> res group_entry) (w : world) : res world :=
  x ← of_deref (w_downloads w !! d);
  e ← f (dl_entry x);
  Ok (set_entry d e w).

(** [m_slotUnchoke]: [ResourceManager::receive_upload_unchoke] and
    [receive_download_unchoke]. *)
Definition slot_unchoke (num : Z) (w : world) : res world :=
  _ ← throw_when (s32 (w_currently w) + num <? 0) internal_error;
  Ok (set_currently (u32 (w_currently w + num)) w).

(** [m_slotCanUnchoke]: [retrieve_upload_can_unchoke] and
    [retrieve_download_can_unchoke]. *)
Definition slot_can_unchoke (w : world) : Z :=
  if w_max w =? 0 then 2 ^ 31 - 1 else s32 (w_max w) - s32 (w_currently w).

(** [PeerConnectionBase::should_connection_unchoke], for the queue of this
    side of the connection's own group. *)
Definition should_connection_unchoke (c : nat) (w : world) : res bool :=
  p ← of_deref (w_peers w !! c);
  x ← of_deref (w_downloads w !! cs_entry (pc_choke p));
  Ok (dl_unchoked x <? ge_max_slots (dl_entry x)).

Definition queue_of (c : nat) (w : world) : res nat :=
  p ← of_deref (w_peers w !! c);
  x ← of_deref (w_downloads w !! cs_entry (pc_choke p));
  Ok (dl_group x).

(** What [set_not_queued] and [set_snubbed] share: choke the connection if it
    is unchoked, and take it off the list. *)
Definition choke_unqueue (slot : nat -> bool -> world -> res (world * bool)) (c : nat) (base : choke_status) (w : world) : res world :=
  w ← (if cs_unchoked base then
         '(w, _) ← slot c true w;
         slot_unchoke (-1) w
       else Ok w);
  q ← queue_of c w;
  w ← on_entry (cs_entry base) (fun e => connection_unqueued e c) w;
  Ok (update_queue q (modify_currently_queued (-1)) w).

(** [choke_queue::set_not_queued], with the slot it calls as an argument: the
    slot of the download side calls [set_not_queued] in turn. *)
Definition set_not_queued_with (slot : nat -> bool -> world -> res (world * bool)) (c : nat) (w : world) : res world :=
  p ← of_deref (w_peers w !! c);
  let base := pc_choke p in
  if negb (cs_queued base) then Ok w
  else
    let w := update_status c (set_cs_queued false) w in
    if cs_snubbed base then Ok w
    else
      choke_unqueue slot c base w.

(** What [receive_upload_choke] and [receive_download_choke] share: the
    status, the counter of the download, the entry and the queue. *)
Definition move_choked (choke : bool) (c : nat) (w : world) : res world :=
  p ← of_deref (w_peers w !! c);
  let d := cs_entry (pc_choke p) in
  _ ← throw_when (eqb choke (negb (cs_unchoked (pc_choke p)))) internal_error;
  let w := update_status c (set_cs_unchoked (negb choke) (env_now env)) w in
  if choke then
    let w := update_info d (-1) w in
    w ← on_entry d (fun e => connection_choked e c) w;
    w ← on_entry d (fun e => connection_queued e c) w;
    q ← queue_of c w;
    Ok (update_queue q (modify_currently_queued 1) (update_queue q (modify_currently_unchoked (-1)) w))
  else
    let w := update_info d 1 w in
    w ← on_entry d (fun e => connection_unqueued e c) w;
    w ← on_entry d (fun e => connection_unchoked e c) w;
    q ← queue_of c w;
    Ok (update_queue q (modify_currently_queued (-1)) (update_queue q (modify_currently_unchoked 1) w)).

Definition receive_upload_choke (c : nat) (choke : bool) (w : world) : res (world * bool) :=
  w ← move_choked choke c w;
  Ok (update_peer c (fun p => Peer (pc_choke p) true (pc_down_unchoked p) (pc_down_interested p) (pc_send_interested p) (pc_try_request p)) w, true).

(** The depth bounds the calls of [set_not_queued] and [receive_download_choke]
    in each other; the inner [set_not_queued] finds the connection choked, so
    two are enough.  The throttle, the download cache and the chunk in transfer
    that the code also touches are other components. *)
Fixpoint receive_download_choke (depth : nat) (c : nat) (choke : bool) (w : world) : res (world * bool) :=
  match depth with
  | O => UB
  | S depth =>
    w ← move_choked choke c w;
    p ← of_deref (w_peers w !! c);
    if choke then
      if pc_down_unchoked p then
        Ok (update_peer c (fun p => Peer (pc_choke p) (pc_send_choked p) (pc_down_unchoked p) false (pc_down_interested p) (pc_try_request p)) w, true)
      else
        w ← set_not_queued_with (receive_download_choke depth) c w;
        Ok (w, false)
    else
      if negb (pc_down_interested p) then
        Ok (update_peer c (fun p => Peer (pc_choke p) (pc_send_choked p) (pc_down_unchoked p) true true true) w, true)
      else
        Ok (update_peer c (fun p => Peer (pc_choke p) (pc_send_choked p) (pc_down_unchoked p) (pc_down_interested p) (pc_send_interested p) true) w, true)
  end.

Definition slot_connection (c : nat) (choke : bool) (w : world) : res (world * bool) :=
  if is_up then receive_upload_choke c choke w else receive_download_choke 2 c choke w.

(** *** Status changes of one connection *)

(** The shared end of [set_queued] and [set_not_snubbed]. *)
Definition unchoke_if_room (c : nat) (base : choke_status) (q : nat) (w : world) : res world :=
  cq ← of_deref (w_queues w !! q);
  should ← should_connection_unchoke c w;
  if negb (is_full cq)
     && (negb (Z.land (cq_flags cq) flag_unchoke_all_new =? 0) || (0 <? slot_can_unchoke w))
     && should
     && (cs_time_last_choke base + 10 * 1000000 <? env_now env)
  then
    '(w, _) ← slot_connection c false w;
    slot_unchoke 1 w
  else Ok w.

Definition set_queued (c : nat) (w : world) : res world :=
  p ← of_deref (w_peers w !! c);
  let base := pc_choke p in
  if cs_queued base || cs_unchoked base then Ok w
  else
    let w := update_status c (set_cs_queued true) w in
    if cs_snubbed base then Ok w
    else
      q ← queue_of c w;
      w ← on_entry (cs_entry base) (fun e => connection_queued e c) w;
      let w := update_queue q (modify_currently_queued 1) w in
      unchoke_if_room c base q w.

Definition set_not_queued (c : nat) (w : world) : res world := set_not_queued_with slot_connection c w.

Definition set_snubbed (c : nat) (w : world) : res world :=
  p ← of_deref (w_peers w !! c);
  let base := pc_choke p in
  if cs_snubbed base then Ok w
  else
    let w := update_status c (set_cs_snubbed true) w in
    if negb (cs_unchoked base) && negb (cs_queued base) then Ok w
    else
      w ← choke_unqueue slot_connection c base w;
      Ok (update_status c (set_cs_queued false) w).

Definition set_not_snubbed (c : nat) (w : world) : res world :=
  p ← of_deref (w_peers w !! c);
  let base := pc_choke p in
  if negb (cs_snubbed base) then Ok w
  else
    let w := update_status c (set_cs_snubbed false) w in
    if negb (cs_queued base) then Ok w
    else
      _ ← throw_when (cs_unchoked base) internal_error;
      q ← queue_of c w;
      w ← on_entry (cs_entry base) (fun e => connection_queued e c) w;
      let w := update_queue q (modify_currently_queued 1) w in
      unchoke_if_room c base q w.

Definition disconnected (c : nat) (w : world) : res world :=
  p ← of_deref (w_peers w !! c);
  let base := pc_choke p in
  q ← queue_of c w;
  w ← (if cs_snubbed base then Ok w
       else if cs_unchoked base then
         w ← slot_unchoke (-1) w;
         w ← on_entry (cs_entry base) (fun e => connection_choked e c) w;
         Ok (update_queue q (modify_currently_unchoked (-1)) w)
       else if cs_queued base then
         w ← on_entry (cs_entry base) (fun e => connection_unqueued e c) w;
         Ok (update_queue q (modify_currently_queued (-1)) w)
       else Ok w);
  Ok (update_status c (set_cs_queued false) w).

(** *** Events of a connection *)

(** [PeerConnectionBase::initialize]: the status points at the entry of the
    download. *)
Definition connect (c d : nat) (interested : bool) (w : world) : world :=
  set_peers (<[c := Peer (CS d false false false 0) false false interested interested false]> (w_peers w)) w.

(** The part of [PeerConnectionBase::cleanup] about choking, after which the
    connection is deleted. *)
Definition cleanup (c : nat) (w : world) : res world :=
  p ← of_deref (w_peers w !! c);
  let w := update_info (cs_entry (pc_choke p)) (- b2z (cs_unchoked (pc_choke p))) w in
  w ← disconnected c w;
  Ok (set_peers (delete c (w_peers w)) w).

(** [CHOKE] and [UNCHOKE] of the remote peer, on the download side. *)
Definition set_down_unchoked (b : bool) (p : peer) : peer :=
  Peer (pc_choke p) (pc_send_choked p) b (pc_down_interested p) (pc_send_interested p) (pc_try_request p).

Definition read_choke (c : nat) (w : world) : res world :=
  set_not_queued c (update_peer c (set_down_unchoked false) w).

Definition read_unchoke (c : nat) (w : world) : res world :=
  let w := update_peer c (set_down_unchoked true) w in
  p ← of_deref (w_peers w !! c);
  if negb (pc_down_interested p) then Ok w else set_queued c w.

(** [INTERESTED] and [NOT_INTERESTED] are [set_queued] and [set_not_queued] of
    the upload side; [PeerConnectionBase::set_upload_snubbed]. *)
Definition set_upload_snubbed (v : bool) (c : nat) (w : world) : res world :=
  if v then set_snubbed c w else set_not_snubbed c w.

(** *** Heuristics *)

(** [::random()] *)
Definition draw (w : world) : Z * world := (env_random env (w_random w), set_random (S (w_random w)) w).

Definition up_time (w : world) (c : nat) : Z :=
  if is_up then from_option (fun p => cs_time_last_choke (pc_choke p)) 0 (w_peers w !! c)
  else env_up_time_last_choke env c.

Definition calculate_upload_choke (c : nat) (w : world) : Z * world :=
  let downloadRate := u32 (env_download_rate env c / 16) in
  (u32 (order_base - 1 - downloadRate), w).

Definition calculate_upload_unchoke (c : nat) (w : world) : Z * world :=
  if env_down_local_unchoked env c then
    let downloadRate := u32 (env_download_rate env c / 16) in
    if downloadRate <? 2048 / 16 then (downloadRate, w)
    else (u32 (u32 (3 * order_base) + downloadRate), w)
  else
    let order := 1 + b2z (env_is_preferred env c) in
    let '(r, w) := draw w in
    (u32 (u32 (order * order_base) + r mod 2 ^ 10), w).

Definition calculate_upload_choke_seed (c : nat) (w : world) : Z * world :=
  let upload_rate := u32 (env_upload_rate env c / 16) in
  (u32 (u32 (1 * order_base) - 1 - upload_rate), w).

Definition calculate_upload_unchoke_seed (c : nat) (w : world) : Z * world :=
  let order := b2z (env_is_preferred env c) in
  let '(r, w) := draw w in
  (u32 (u32 (order * order_base) + r mod 2 ^ 10), w).

Definition calculate_choke_upload_leech_experimental (c : nat) (w : world) : Z * world :=
  if env_now env <? up_time w c + 50 * 1000000 then (1 * order_base, w)
  else
    let multiplier := 1 + 3 * b2z (env_is_preferred env c) in
    let download_rate := u32 (env_download_rate env c / 64) in
    let upload_rate := u32 (env_upload_rate env c / (64 * 4)) in
    (u32 (order_base - 1 - u32 (u32 (download_rate + upload_rate) * multiplier)), w).

Definition calculate_unchoke_upload_leech_experimental (c : nat) (w : world) : Z * world :=
  if env_down_local_unchoked env c then
    let multiplier := 1 + 3 * b2z (env_is_preferred env c) in
    let download_rate := u32 (env_download_rate env c / 64) in
    (u32 (order_base + u32 (download_rate * multiplier)), w)
  else
    let base := if env_is_preferred env c then 2 ^ 10 * 4 else 2 ^ 10 in
    let '(r, w) := draw w in
    (u32 (r mod base), w).

Definition calculate_download_choke (c : nat) (w : world) : Z * world :=
  let downloadRate := u32 (env_download_rate env c / 16) in
  (u32 (order_base - 1 - downloadRate), w).

Definition calculate_download_unchoke (c : nat) (w : world) : Z * world :=
  (u32 (env_download_rate env c / 16), w).

Record heuristics_type := Heuristics {
  slot_choke_weight : nat -> world -> Z * world;
  slot_unchoke_weight : nat -> world -> Z * world;
  h_choke_weight : list Z;
  h_unchoke_weight : list Z;
}.

(** Indexing the table with [HEURISTICS_MAX_SIZE] is out of range. *)
Definition m_heuristics_list (h : heuristics_enum) : option heuristics_type :=
  match h with
  | HEURISTICS_UPLOAD_LEECH =>
    Some (Heuristics calculate_upload_choke calculate_upload_unchoke [1; 1; 1; 1] [1; 3; 6; 9])
  | HEURISTICS_UPLOAD_SEED =>
    Some (Heuristics calculate_upload_choke_seed calculate_upload_unchoke_seed [1; 1; 1; 1] [1; 3; 6; 9])
  | HEURISTICS_UPLOAD_LEECH_EXPERIMENTAL =>
    Some (Heuristics calculate_choke_upload_leech_experimental calculate_unchoke_upload_leech_experimental
                     [32; 1; 1; 1] [1; 6; 8; 16])
  | HEURISTICS_DOWNLOAD_LEECH =>
    Some (Heuristics calculate_download_choke calculate_download_unchoke [1; 1; 1; 1] [1; 1; 1; 1])
  | HEURISTICS_MAX_SIZE => None
  end.

(** The loop of a heuristic over a range of connections. *)
Fixpoint weigh (f : nat -> world -> Z * world) (l : list weighted_connection) (w : world)
    : list weighted_connection * world :=
  match l with
  | [] => ([], w)
  | v :: l =>
    let '(weight, w) := f (wc_connection v) w in
    let '(l, w) := weigh f l w in
    (WC (wc_connection v) weight :: l, w)
  end.

(** Weighing and sorting the connections of one entry. *)
Definition weigh_entry (h : heuristics_type) (d : nat) (w : world) : res world :=
  x ← of_deref (w_downloads w !! d);
  let '(u, w) := weigh (slot_choke_weight h) (ge_unchoked (dl_entry x)) w in
  let '(n, w) := weigh (slot_unchoke_weight h) (ge_queued (dl_entry x)) w in
  Ok (set_entry d (GE (ge_max_slots (dl_entry x)) (ge_min_slots (dl_entry x))
                      (sort_by wc_weight n) (sort_by wc_weight u)) w).

(** *** Balancing *)

Record group_stats := GS {
  sum_min_needed : Z;
  sum_max_needed : Z;
  sum_max_leftovers : Z;
  changed_choked : Z;
  changed_unchoked : Z;
  now_choked : Z;
  now_unchoked : Z;
}.

Definition new_stats : group_stats := GS 0 0 0 0 0 0 0.

Definition add_needed (e : group_entry) (gs : group_stats) : group_stats :=
  let max_slots := Z.min (size_connections e) (ge_max_slots e) in
  GS (u32 (sum_min_needed gs + Z.min (size_connections e) (Z.min (ge_max_slots e) (ge_min_slots e))))
     (u32 (sum_max_needed gs + max_slots))
     (u32 (sum_max_leftovers gs + (size_connections e - max_slots)))
     (changed_choked gs) (changed_unchoked gs) (now_choked gs) (now_unchoked gs).

Definition add_unchoked (changed now : Z) (gs : group_stats) : group_stats :=
  GS (sum_min_needed gs) (sum_max_needed gs) (sum_max_leftovers gs) (changed_choked gs)
     (u32 (changed_unchoked gs + changed)) (now_choked gs) (u32 (now_unchoked gs + now)).

Definition max_alternate (q : choke_queue) : Z :=
  if cq_currently_unchoked q <? 31 then u32 (cq_currently_unchoked q + 7) / 8
  else u32 (cq_currently_unchoked q + 9) / 10.

Fixpoint prepare_weights (h : heuristics_type) (groups : list nat) (gs : group_stats) (w : world)
    : res (group_stats * world) :=
  match groups with
  | [] => Ok (gs, w)
  | d :: groups =>
    w ← weigh_entry h d w;
    x ← of_deref (w_downloads w !! d);
    prepare_weights h groups (add_needed (dl_entry x) gs) w
  end.

(** [while (!queued.empty() && unchoked.size() < min_slots)
      count += m_slotConnection(queued.back().connection, false)] *)
Fixpoint fill_min (fuel : nat) (d : nat) (min_slots count : Z) (w : world) : res (Z * world) :=
  x ← of_deref (w_downloads w !! d);
  let e := dl_entry x in
  match last (ge_queued e) with
  | Some v =>
    if zlen (ge_unchoked e) <? min_slots then
      match fuel with
      | O => UB
      | S fuel =>
        '(w, b) ← slot_connection (wc_connection v) false w;
        fill_min fuel d min_slots (count + b2z b) w
      end
    else Ok (count, w)
  | None => Ok (count, w)
  end.

(** [while (!unchoked.empty() && unchoked.size() > max_slots)
      count -= m_slotConnection(unchoked.back().connection, true)] *)
Fixpoint trim_max (fuel : nat) (d : nat) (count : Z) (w : world) : res (Z * world) :=
  x ← of_deref (w_downloads w !! d);
  let e := dl_entry x in
  match last (ge_unchoked e) with
  | Some v =>
    if ge_max_slots e <? zlen (ge_unchoked e) then
      match fuel with
      | O => UB
      | S fuel =>
        '(w, b) ← slot_connection (wc_connection v) true w;
        trim_max fuel d (count - b2z b) w
      end
    else Ok (count, w)
  | None => Ok (count, w)
  end.

(** Each turn of the loops takes a connection from the container they test. *)
Definition fill_entry (d : nat) (min_slots count : Z) (w : world) : res (Z * world) :=
  x ← of_deref (w_downloads w !! d);
  fill_min (length (ge_queued (dl_entry x))) d min_slots count w.
Definition trim_entry (d : nat) (count : Z) (w : world) : res (Z * world) :=
  x ← of_deref (w_downloads w !! d);
  trim_max (length (ge_unchoked (dl_entry x))) d count w.

(** One group of [retrieve_connections]; the two containers are those of the
    caller. *)
Definition retrieve_entry (d : nat) (gs : group_stats) (queued unchoked : list weighted_connection) (w : world)
    : res (group_stats * list weighted_connection * list weighted_connection * world) :=
  x ← of_deref (w_downloads w !! d);
  let min_slots := Z.min (ge_min_slots (dl_entry x)) (ge_max_slots (dl_entry x)) in
  '(gs, unchoked, w) ←
    (if zlen (ge_unchoked (dl_entry x)) <? min_slots then
       '(count, w) ← fill_entry d min_slots 0 w;
       x ← of_deref (w_downloads w !! d);
       Ok (add_unchoked count (zlen (ge_unchoked (dl_entry x))) gs, unchoked, w)
     else
       Ok (add_unchoked 0 min_slots gs, unchoked ++ drop (Z.to_nat min_slots) (ge_unchoked (dl_entry x)), w));
  x ← of_deref (w_downloads w !! d);
  let e := dl_entry x in
  if zlen (ge_unchoked e) <? ge_max_slots e then
    let n := Z.min (u32 (zlen (ge_queued e))) (u32 (ge_max_slots e - zlen (ge_unchoked e))) in
    Ok (gs, queued ++ drop (length (ge_queued e) - Z.to_nat n) (ge_queued e), unchoked, w)
  else Ok (gs, queued, unchoked, w).

Fixpoint retrieve_connections (groups : list nat) (gs : group_stats) (queued unchoked : list weighted_connection) (w : world)
    : res (group_stats * list weighted_connection * list weighted_connection * world) :=
  match groups with
  | [] => Ok (gs, queued, unchoked, w)
  | d :: groups =>
    '(gs, queued, unchoked, w) ← retrieve_entry d gs queued unchoked w;
    retrieve_connections groups gs queued unchoked w
  end.

(** The two containers of [rebuild_containers]. *)
Fixpoint rebuild_containers (groups : list nat) (w : world) : res (list weighted_connection * list weighted_connection) :=
  match groups with
  | [] => Ok ([], [])
  | d :: groups =>
    x ← of_deref (w_downloads w !! d);
    '(queued, unchoked) ← rebuild_containers groups w;
    Ok (ge_queued (dl_entry x) ++ queued, ge_unchoked (dl_entry x) ++ unchoked)
  end.

(** The inner loop of [adjust_choke_range], from the back of the range. *)
Fixpoint choke_range (is_choke : bool) (l : list weighted_connection) (w : world) : res world :=
  match l with
  | [] => Ok w
  | v :: l =>
    '(w, _) ← slot_connection (wc_connection v) is_choke w;
    choke_range is_choke l w
  end.

(** The outer loop, over the orders from the last; [skipped] stays as it is
    while no connection is ever skipped. *)
Fixpoint adjust_orders (is_choke : bool) (os : list order) (src dest : list weighted_connection) (count skipped : Z) (w : world)
    : res (list weighted_connection * list weighted_connection * Z * world) :=
  match os with
  | [] => Ok (src, dest, count, w)
  | o :: os =>
    let order_size := o_size o in
    let order_remaining := u32 (order_size - o_first o) in
    _ ← throw_when (order_size <? o_first o) internal_error;
    let first := u32 (o_first o + Z.min skipped order_remaining) in
    let skipped := skipped - Z.min skipped order_remaining in
    let first_adjust := Z.of_nat (o_hi o) - first in
    _ ← throw_when (negb ((0 <=? first_adjust) && (Z.of_nat (o_hi o) <=? zlen src) && (first_adjust <=? Z.of_nat (o_hi o))))
          internal_error;
    let range := take (o_hi o - Z.to_nat first_adjust) (drop (Z.to_nat first_adjust) src) in
    w ← choke_range is_choke (rev range) w;
    adjust_orders is_choke os (take (Z.to_nat first_adjust) src ++ drop (o_hi o) src) (dest ++ range)
                  (u32 (count + zlen range)) skipped w
  end.

(** The random number is drawn whether or not the allocation uses it. *)
Definition adjust_choke_range (h : heuristics_type) (first last : nat) (src dest : list weighted_connection)
    (max : Z) (is_choke : bool) (w : world)
    : res (list weighted_connection * list weighted_connection * Z * world) :=
  let '(r, w) := draw w in
  os ← choke_manager_allocate_slots r src first last max (if is_choke then h_choke_weight h else h_unchoke_weight h);
  '(src, dest, count, w) ← adjust_orders is_choke (rev os) src dest 0 0 w;
  _ ← throw_when (max <? count) internal_error;
  Ok (src, dest, count, w).

(** The guard for a queue without slots is left out: [push_group] sets them
    before anything can call the queue. *)
Definition balance (q : nat) (w : world) : res world :=
  cq ← of_deref (w_queues w !! q);
  if cq_currently_unchoked cq =? cq_max_unchoked cq then Ok w
  else
    h ← of_deref (m_heuristics_list (cq_heuristics cq));
    '(gs, w) ← prepare_weights h (cq_group_container cq) new_stats w;
    '(gs, queued, unchoked, w) ← retrieve_connections (cq_group_container cq) gs [] [] w;
    w ← (if negb (changed_unchoked gs =? 0) then slot_unchoke (changed_unchoked gs) w else Ok w);
    let can_unchoke := slot_can_unchoke w in
    let max_unchoked := Z.min (cq_max_unchoked cq) (2 ^ 20) in
    let adjust := Z.min (max_unchoked - s32 (zlen unchoked + now_unchoked gs)) can_unchoke in
    '(result, w) ←
      (if 0 <? adjust then
         '(_, _, n, w) ← adjust_choke_range h 0 (length queued) queued unchoked adjust false w; Ok (n, w)
       else if adjust <? 0 then
         '(_, _, n, w) ← adjust_choke_range h 0 (length unchoked) unchoked queued (- adjust) true w; Ok (- n, w)
       else Ok (0, w));
    if negb (result =? 0) then slot_unchoke result w else Ok w.

Definition balance_entry (q d : nat) (w : world) : res world :=
  cq ← of_deref (w_queues w !! q);
  h ← of_deref (m_heuristics_list (cq_heuristics cq));
  w ← weigh_entry h d w;
  '(count, w) ← trim_entry d 0 w;
  x ← of_deref (w_downloads w !! d);
  '(count, w) ← fill_entry d (Z.min (ge_min_slots (dl_entry x)) (ge_max_slots (dl_entry x))) count w;
  slot_unchoke count w.

Definition cycle (q : nat) (quota : Z) (w : world) : res (Z * world) :=
  cq ← of_deref (w_queues w !! q);
  '(_, unchoked0) ← rebuild_containers (cq_group_container cq) w;
  let oldSize := zlen unchoked0 in
  let alternate := max_alternate cq in
  h ← of_deref (m_heuristics_list (cq_heuristics cq));
  '(gs, w) ← prepare_weights h (cq_group_container cq) new_stats w;
  '(gs, queued, unchoked, w) ← retrieve_connections (cq_group_container cq) gs [] [] w;
  let quota := Z.min quota (cq_max_unchoked cq) in
  let quota := quota - Z.min quota (now_unchoked gs) in
  let adjust := if zlen unchoked <? quota then quota - zlen unchoked else 0 in
  let adjust := Z.min (Z.max adjust alternate) quota in
  '(queued, unchoked, unchoked_count, w) ← adjust_choke_range h 0 (length queued) queued unchoked adjust false w;
  '(unchoked, queued, w) ←
    (if quota <? zlen unchoked then
       '(unchoked, queued, _, w) ←
         adjust_choke_range h 0 (length unchoked - Z.to_nat unchoked_count) unchoked queued (zlen unchoked - quota) true w;
       Ok (unchoked, queued, w)
     else Ok (unchoked, queued, w));
  _ ← throw_when (quota <? zlen unchoked) internal_error;
  '(_, unchoked) ← rebuild_containers (cq_group_container cq) w;
  Ok (zlen unchoked - oldSize, w).

(** *** Moving a download between queues *)

Definition move_out (q d : nat) (w : world) : res world :=
  cq ← of_deref (w_queues w !! q);
  match list_find (fun x => x = d) (cq_group_container cq) with
  | None => Throw internal_error
  | Some (i, _) => Ok (update_queue q (set_group_container (swap_pop i (cq_group_container cq))) w)
  end.

Definition move_in (q d : nat) (w : world) : world :=
  update_queue q (fun cq => set_group_container (cq_group_container cq ++ [d]) cq) w.

Definition move_connections (src dest : option nat) (d : nat) (w : world) : res world :=
  w ← match src with Some q => move_out q d w | None => Ok w end;
  let w := match dest with Some q => move_in q d w | None => w end in
  match src, dest with
  | Some s, Some t =>
    x ← of_deref (w_downloads w !! d);
    let n := zlen (ge_queued (dl_entry x)) in
    let u := zlen (ge_unchoked (dl_entry x)) in
    let w := update_queue s (modify_currently_unchoked (- u)) (update_queue s (modify_currently_queued (- n)) w) in
    Ok (update_queue t (modify_currently_unchoked u) (update_queue t (modify_currently_queued n) w))
  | _, _ => Ok w
  end.

(** [Download::set_uploads_max] and the three like it: the entry's limits,
    then [balance_entry]. *)
Definition set_slots_max (d : nat) (v : Z) (w : world) : res world :=
  _ ← throw_when (2 ^ 16 <? v) input_error;
  x ← of_deref (w_downloads w !! d);
  balance_entry (dl_group x) d (set_entry d (set_max_slots (if v =? 0 then unlimited else v) (dl_entry x)) w).

Definition set_slots_min (d : nat) (v : Z) (w : world) : res world :=
  _ ← throw_when (2 ^ 16 <? v) input_error;
  x ← of_deref (w_downloads w !! d);
  balance_entry (dl_group x) d (set_entry d (set_min_slots v (dl_entry x)) w).

End operations.

(** *** The invariant *)

(** Where a connection is listed: the download, and whether it is unchoked. *)
Abbreviation places := (gmap nat (nat * bool)).

Definition count_in (f : group_entry -> list weighted_connection) (dls : gmap nat download) (d : nat) : Z :=
  from_option (fun x => zlen (f (dl_entry x))) 0 (dls !! d).

Definition u32_weights (l : list weighted_connection) : Prop := Forall (fun v => is_u32 (wc_weight v)) l.

Record entry_ok (pl : places) (qs : list choke_queue) (d : nat) (x : download) : Prop := {
  eo_queued_nodup : NoDup (ids (ge_queued (dl_entry x)));
  eo_unchoked_nodup : NoDup (ids (ge_unchoked (dl_entry x)));
  eo_queued : forall c, c ∈ ids (ge_queued (dl_entry x)) <-> pl !! c = Some (d, false);
  eo_unchoked : forall c, c ∈ ids (ge_unchoked (dl_entry x)) <-> pl !! c = Some (d, true);
  eo_queued_weights : u32_weights (ge_queued (dl_entry x));
  eo_unchoked_weights : u32_weights (ge_unchoked (dl_entry x));
  eo_max : is_u32 (ge_max_slots (dl_entry x));
  eo_min : is_u32 (ge_min_slots (dl_entry x));
  eo_group : exists cq, qs !! dl_group x = Some cq /\ d ∈ cq_group_container cq;
}.

Record queue_ok (dls : gmap nat download) (q : nat) (cq : choke_queue) : Prop := {
  qo_nodup : NoDup (cq_group_container cq);
  qo_groups : forall d, d ∈ cq_group_container cq -> exists x, dls !! d = Some x /\ dl_group x = q;
  qo_queued : cq_currently_queued cq = zsum (count_in ge_queued dls) (cq_group_container cq);
  qo_unchoked : cq_currently_unchoked cq = zsum (count_in ge_unchoked dls) (cq_group_container cq);
  qo_max : is_u32 (cq_max_unchoked cq);
  qo_heuristics : cq_heuristics cq <> HEURISTICS_MAX_SIZE;
}.

(** The lists, the queues and the counter fit the places of the connections;
    [k] connections were unchoked that the counter has not been told of. *)
Record lists_ok (k : Z) (pl : places) (w : world) : Prop := {
  lo_entry : forall d x, w_downloads w !! d = Some x -> entry_ok pl (w_queues w) d x;
  lo_place : forall c d b, pl !! c = Some (d, b) -> is_Some (w_downloads w !! d);
  lo_queue : forall q cq, w_queues w !! q = Some cq -> queue_ok (w_downloads w) q cq;
  lo_total : w_currently w + k = zsum cq_currently_unchoked (w_queues w);
  lo_current : 0 <= w_currently w < 2 ^ 30;
  lo_size : zsum (fun cq => cq_currently_queued cq + cq_currently_unchoked cq) (w_queues w) = Z.of_nat (size pl);
  lo_few : Z.of_nat (size pl) < 2 ^ 30;
}.

Lemma count_in_nonneg f dls d : 0 <= count_in f dls d.
Proof. unfold count_in. destruct (dls !! d); simpl; [apply zlen_nonneg|done]. Qed.

Lemma queue_counts_nonneg dls q cq : queue_ok dls q cq -> 0 <= cq_currently_queued cq /\ 0 <= cq_currently_unchoked cq.
Proof. intros [_ _ -> -> _ _]. split; apply zsum_nonneg; intros; apply count_in_nonneg. Qed.

(** Every count is below the number of connections. *)
Lemma queue_counts_small k pl w q cq : lists_ok k pl w -> w_queues w !! q = Some cq ->
  0 <= cq_currently_queued cq /\ 0 <= cq_currently_unchoked cq
  /\ cq_currently_queued cq + cq_currently_unchoked cq <= Z.of_nat (size pl).
Proof.
  intros Hw Hq. destruct (queue_counts_nonneg _ _ _ (lo_queue _ _ _ Hw _ _ Hq)) as [H1 H2]. split_and!; [done..|].
  rewrite <- (lo_size _ _ _ Hw).
  apply (zsum_elem_le (fun cq => cq_currently_queued cq + cq_currently_unchoked cq) _ q cq); [|done].
  intros cq' (i & Hi)%list_elem_of_lookup. pose proof (queue_counts_nonneg _ _ _ (lo_queue _ _ _ Hw _ _ Hi)). lia.
Qed.

Lemma total_unchoked_small k pl w : lists_ok k pl w ->
  0 <= zsum cq_currently_unchoked (w_queues w) <= Z.of_nat (size pl).
Proof.
  intros Hw. rewrite <- (lo_size _ _ _ Hw), zsum_add.
  assert (Hn : forall cq, cq ∈ w_queues w -> 0 <= cq_currently_queued cq /\ 0 <= cq_currently_unchoked cq).
  { intros cq (i & Hi)%list_elem_of_lookup. apply (queue_counts_nonneg _ _ _ (lo_queue _ _ _ Hw _ _ Hi)). }
  assert (0 <= zsum cq_currently_queued (w_queues w)) by (apply zsum_nonneg; intros; by apply Hn).
  assert (0 <= zsum cq_currently_unchoked (w_queues w)) by (apply zsum_nonneg; intros; by apply Hn). lia.
Qed.

Lemma count_in_insert f dls d x l : NoDup l -> dls !! d = Some x -> forall x', d ∈ l ->
  zsum (count_in f (<[d := x']> dls)) l = zsum (count_in f dls) l + zlen (f (dl_entry x')) - zlen (f (dl_entry x)).
Proof.
  intros Hnd Hx x'. induction Hnd as [|d' l Hd' Hnd IH]; intros Hin; [by apply elem_of_nil in Hin|]. simpl.
  apply elem_of_cons in Hin as [<-|Hin].
  - unfold count_in at 1 3. rewrite lookup_insert_eq, Hx. simpl.
    rewrite (zsum_ext (count_in f (<[d := x']> dls)) (count_in f dls)); [lia|].
    intros e He. unfold count_in. rewrite lookup_insert_ne by congruence. done.
  - rewrite (IH Hin). unfold count_in at 1 3. rewrite lookup_insert_ne by congruence. lia.
Qed.

Lemma count_in_insert_other f dls d x l : d ∉ l -> zsum (count_in f (<[d := x]> dls)) l = zsum (count_in f dls) l.
Proof.
  intros Hd. apply zsum_ext. intros e He. unfold count_in. rewrite lookup_insert_ne by congruence. done.
Qed.

#[global] Arguments zsum : simpl never.

(** One entry and the counts of its queue replaced. *)
Record entry_new (pl : places) (d : nat) (e : group_entry) : Prop := {
  en_queued_nodup : NoDup (ids (ge_queued e));
  en_unchoked_nodup : NoDup (ids (ge_unchoked e));
  en_queued : forall c, c ∈ ids (ge_queued e) <-> pl !! c = Some (d, false);
  en_unchoked : forall c, c ∈ ids (ge_unchoked e) <-> pl !! c = Some (d, true);
  en_queued_weights : u32_weights (ge_queued e);
  en_unchoked_weights : u32_weights (ge_unchoked e);
  en_max : is_u32 (ge_max_slots e);
  en_min : is_u32 (ge_min_slots e);
}.

Lemma entry_ok_new pl qs d x : entry_ok pl qs d x -> entry_new pl d (dl_entry x).
Proof. by intros []. Qed.

Lemma lists_queue k pl w d x : lists_ok k pl w -> w_downloads w !! d = Some x ->
  exists cq, w_queues w !! dl_group x = Some cq /\ d ∈ cq_group_container cq.
Proof. intros Hw Hx. apply (eo_group _ _ _ _ (lo_entry _ _ _ Hw _ _ Hx)). Qed.

Lemma lists_replace k k' pl pl' w w' d x e' n cq dq du :
  lists_ok k pl w -> w_downloads w !! d = Some x -> w_queues w !! dl_group x = Some cq ->
  w_downloads w' = <[d := Download (dl_group x) e' n]> (w_downloads w) ->
  w_queues w' = <[dl_group x := set_counts (cq_currently_queued cq + dq) (cq_currently_unchoked cq + du) cq]> (w_queues w) ->
  zlen (ge_queued e') = zlen (ge_queued (dl_entry x)) + dq ->
  zlen (ge_unchoked e') = zlen (ge_unchoked (dl_entry x)) + du ->
  entry_new pl' d e' -> (forall c d' b, d' <> d -> pl' !! c = Some (d', b) <-> pl !! c = Some (d', b)) ->
  Z.of_nat (size pl') = Z.of_nat (size pl) + dq + du -> Z.of_nat (size pl') < 2 ^ 30 ->
  w_currently w' + k' = w_currently w + k + du -> 0 <= w_currently w' < 2 ^ 30 ->
  lists_ok k' pl' w'.
Proof.
  intros Hw Hx Hcq Hdl' Hqs' Hdq Hdu Hnew Hother Hsize Hfew Hcur Hcurb.
  pose proof (lists_queue _ _ _ _ _ Hw Hx) as (cq0 & Hcq0 & Hin).
  assert (cq0 = cq) as -> by congruence. clear Hcq0.
  assert (Hlt : (dl_group x < length (w_queues w))%nat) by (by apply lookup_lt_Some in Hcq).
  constructor; rewrite ?Hdl', ?Hqs'; try done.
  - intros d1 x1 Hd1. destruct (decide (d1 = d)) as [->|Hne].
    + rewrite lookup_insert_eq in Hd1. simplify_eq. destruct Hnew. constructor; try done. cbn.
      eexists. rewrite list_lookup_insert_eq by done. done.
    + rewrite lookup_insert_ne in Hd1 by done. destruct (lo_entry _ _ _ Hw _ _ Hd1) as [? ? Hq Hu ? ? ? ? (cq1 & Hcq1 & Hin1)].
      constructor; try done; [intros c; by rewrite Hother|intros c; by rewrite Hother|].
      destruct (decide (dl_group x1 = dl_group x)) as [He|Hne'].
      * rewrite He in *. rewrite list_lookup_insert_eq by done. eexists; split; [done|]. by rewrite Hcq in Hcq1; simplify_eq.
      * rewrite list_lookup_insert_ne by done. eauto.
  - intros c d1 b Hc. destruct (decide (d1 = d)) as [->|Hne]; [rewrite lookup_insert_eq; eauto|].
    rewrite lookup_insert_ne by done. apply Hother in Hc; [|done]. by apply (lo_place _ _ _ Hw) in Hc.
  - intros q cq1 Hq1. destruct (decide (q = dl_group x)) as [->|Hne].
    + rewrite list_lookup_insert_eq in Hq1 by done. simplify_eq.
      destruct (lo_queue _ _ _ Hw _ _ Hcq) as [Hnd Hgr Hqd Hun Hmax Hh]. constructor; cbn; try done.
      * intros d1 Hd1. destruct (Hgr _ Hd1) as (x1 & Hx1 & Hg1). destruct (decide (d1 = d)) as [->|?].
        -- rewrite lookup_insert_eq. eauto.
        -- rewrite lookup_insert_ne by done. eauto.
      * rewrite (count_in_insert _ _ _ x), Hqd by done. cbn. lia.
      * rewrite (count_in_insert _ _ _ x), Hun by done. cbn. lia.
    + rewrite list_lookup_insert_ne in Hq1 by done.
      destruct (lo_queue _ _ _ Hw _ _ Hq1) as [Hnd Hgr Hqd Hun Hmax Hh].
      assert (Hnin : d ∉ cq_group_container cq1) by (intros Hd; destruct (Hgr _ Hd) as (x1 & Hx1 & Hg1); congruence).
      constructor; try done; rewrite ?count_in_insert_other by done; try done.
      intros d1 Hd1. destruct (Hgr _ Hd1) as (x1 & Hx1 & Hg1). rewrite lookup_insert_ne by congruence. eauto.
  - rewrite (zsum_insert _ _ _ cq) by done. cbn. pose proof (lo_total _ _ _ Hw). lia.
  - rewrite (zsum_insert _ _ _ cq) by done. cbn. pose proof (lo_size _ _ _ Hw). lia.
Qed.

(** *** The elementary moves *)

Lemma lists_ok_ext k pl w w' : w_downloads w' = w_downloads w -> w_queues w' = w_queues w ->
  w_currently w' = w_currently w -> lists_ok k pl w -> lists_ok k pl w'.
Proof. intros Hd Hq Hc []. by constructor; rewrite ?Hd, ?Hq, ?Hc. Qed.

Lemma alter_lookup {A} (f : A -> A) (m : gmap nat A) i a : m !! i = Some a -> alter f i m = <[i := f a]> m.
Proof.
  intros Hi. apply map_eq. intros j. destruct (decide (j = i)) as [->|].
  - by rewrite lookup_alter_eq, lookup_insert_eq, Hi.
  - by rewrite lookup_alter_ne, lookup_insert_ne.
Qed.

Lemma list_alter_lookup {A} (f : A -> A) (l : list A) i a : l !! i = Some a -> alter f i l = <[i := f a]> l.
Proof.
  intros Hi. apply list_eq. intros j. destruct (decide (j = i)) as [->|].
  - rewrite list_lookup_alter_eq, list_lookup_insert_eq, Hi; [done|by apply lookup_lt_Some in Hi].
  - by rewrite list_lookup_alter_ne, list_lookup_insert_ne.
Qed.

Lemma on_entry_ok d f w x e : w_downloads w !! d = Some x -> f (dl_entry x) = Ok e ->
  on_entry d f w = Ok (set_entry d e w).
Proof. intros Hx He. unfold on_entry. rewrite Hx. res_simpl. rewrite He. done. Qed.

Lemma queue_of_ok c w p x : w_peers w !! c = Some p -> w_downloads w !! cs_entry (pc_choke p) = Some x ->
  queue_of c w = Ok (dl_group x).
Proof. intros Hp Hx. unfold queue_of. rewrite Hp. res_simpl. rewrite Hx. done. Qed.

Lemma set_entry_downloads d e w x : w_downloads w !! d = Some x ->
  w_downloads (set_entry d e w) = <[d := Download (dl_group x) e (dl_unchoked x)]> (w_downloads w).
Proof. intros Hx. unfold set_entry. cbn. by rewrite (alter_lookup _ _ _ x). Qed.

Lemma update_queue_queues q f w cq : w_queues w !! q = Some cq ->
  w_queues (update_queue q f w) = <[q := f cq]> (w_queues w).
Proof. intros Hq. unfold update_queue. cbn. by rewrite (list_alter_lookup _ _ _ cq). Qed.

Lemma set_counts_id q : set_counts (cq_currently_queued q) (cq_currently_unchoked q) q = q.
Proof. by destruct q. Qed.

Lemma u32_weights_remove c l l' : u32_weights l -> remove_found c l = Ok l' -> u32_weights l'.
Proof.
  unfold remove_found. intros Hl Hr. destruct (find_pcb c l) as [i|] eqn:Hi; [|done]. simplify_eq.
  apply find_pcb_Some in Hi as (l1 & v & l2 & -> & <- & _). unfold u32_weights. rewrite swap_pop_perm.
  apply Forall_app in Hl as [H1 H2]. apply Forall_cons in H2 as [_ H2]. by apply Forall_app.
Qed.

Lemma u32_weights_add c l : u32_weights l -> u32_weights (l ++ [WC c 0]).
Proof. intros Hl. apply Forall_app. split; [done|]. constructor; [|done]. cbn. unfold is_u32. lia. Qed.

(** A list without and with one connection. *)
Lemma ids_remove c l l' : NoDup (ids l) -> c ∈ ids l -> remove_found c l = Ok l' ->
  NoDup (ids l') /\ (forall a, a ∈ ids l' <-> a ∈ ids l /\ a <> c) /\ zlen l' = zlen l - 1.
Proof.
  intros Hnd Hin Hr. destruct (remove_found_ok c l Hin) as (l'' & Hr'' & Hperm). rewrite Hr in Hr''. simplify_eq.
  rewrite <- Hperm in Hnd. apply NoDup_cons in Hnd as [Hc Hnd]. split_and!; [done| |].
  - intros a. rewrite <- Hperm, elem_of_cons. split; [|tauto]. intros Ha. split; [by right|]. by intros ->.
  - apply Permutation_length in Hperm. unfold ids, zlen in *. cbn in Hperm. rewrite !length_fmap in Hperm. lia.
Qed.

Lemma ids_add c l : NoDup (ids l) -> c ∉ ids l ->
  NoDup (ids (l ++ [WC c 0])) /\ (forall a, a ∈ ids (l ++ [WC c 0]) <-> a ∈ ids l \/ a = c) /\ zlen (l ++ [WC c 0]) = zlen l + 1.
Proof.
  intros Hnd Hc. unfold ids in *. rewrite fmap_app. cbn. split_and!.
  - apply NoDup_app. split_and!; [done| |apply NoDup_singleton]. intros a Ha Ha2%list_elem_of_singleton. congruence.
  - intros a. rewrite elem_of_app, list_elem_of_singleton. done.
  - unfold zlen. rewrite length_app. cbn. lia.
Qed.

Lemma size_insert_new (pl : places) c v : pl !! c = None -> Z.of_nat (size (<[c := v]> pl)) = Z.of_nat (size pl) + 1.
Proof. intros Hc. rewrite map_size_insert_None by done. lia. Qed.

Lemma size_insert_old (pl : places) c v v' : pl !! c = Some v -> Z.of_nat (size (<[c := v']> pl)) = Z.of_nat (size pl).
Proof. intros Hc. rewrite map_size_insert_Some by (by rewrite Hc; eauto). done. Qed.

Lemma size_delete_old (pl : places) c v : pl !! c = Some v -> Z.of_nat (size (delete c pl)) = Z.of_nat (size pl) - 1.
Proof.
  intros Hc. rewrite map_size_delete_Some by (by rewrite Hc; eauto).
  assert (size pl <> 0%nat); [|lia]. intros Hz%map_size_empty_inv. subst. by rewrite lookup_empty in Hc.
Qed.

(** The lists of an entry are part of the counts of its queue. *)
Lemma entry_counts k pl w d x cq : lists_ok k pl w -> w_downloads w !! d = Some x -> w_queues w !! dl_group x = Some cq ->
  zlen (ge_queued (dl_entry x)) <= cq_currently_queued cq /\ zlen (ge_unchoked (dl_entry x)) <= cq_currently_unchoked cq.
Proof.
  intros Hw Hx Hcq. destruct (lists_queue _ _ _ _ _ Hw Hx) as (cq' & Hcq' & Hg).
  assert (cq' = cq) as -> by congruence. clear Hcq'. apply list_elem_of_lookup in Hg as (i & Hi).
  destruct (lo_queue _ _ _ Hw _ _ Hcq) as [_ _ -> -> _ _].
  pose proof (zsum_elem_le (count_in ge_queued (w_downloads w)) _ i d (fun b _ => count_in_nonneg _ _ b) Hi) as H1.
  pose proof (zsum_elem_le (count_in ge_unchoked (w_downloads w)) _ i d (fun b _ => count_in_nonneg _ _ b) Hi) as H2.
  unfold count_in at 1 in H1. unfold count_in at 1 in H2. rewrite Hx in H1, H2. done.
Qed.

(** [connection_queued], and the count of the queue. *)
Lemma enqueue_spec k pl w c d x : lists_ok k pl w -> w_downloads w !! d = Some x -> pl !! c = None ->
  Z.of_nat (size pl) + 1 < 2 ^ 30 ->
  exists e', connection_queued (dl_entry x) c = Ok e'
    /\ lists_ok k (<[c := (d, false)]> pl) (update_queue (dl_group x) (modify_currently_queued 1) (set_entry d e' w)).
Proof.
  intros Hw Hx Hc Hfew. destruct (lo_entry _ _ _ Hw _ _ Hx) as [Hqn Hun Hq Hu Hqw Huw Hmx Hmn (cq & Hcq & Hg)].
  assert (Hnq : c ∉ ids (ge_queued (dl_entry x))) by (rewrite Hq; congruence).
  unfold connection_queued. rewrite emplace_new_ok by done. res_simpl. eexists; split; [done|].
  destruct (ids_add c _ Hqn Hnq) as (Hn' & Hin' & Hl').
  pose proof (queue_counts_small _ _ _ _ _ Hw Hcq) as Hsm. pose proof (lo_few _ _ _ Hw).
  eapply (lists_replace _ _ _ _ _ _ d x _ _ cq 1 0 Hw Hx Hcq).
  - apply set_entry_downloads. done.
  - rewrite (update_queue_queues _ _ _ cq) by done. unfold modify_currently_queued. rewrite u32_small, Z.add_0_r by lia. done.
  - done.
  - cbn. lia.
  - constructor; cbn; try done.
    + intros a. rewrite Hin', Hq, lookup_insert. destruct (decide (c = a)) as [->|]; [naive_solver|naive_solver].
    + intros a. rewrite Hu, lookup_insert. destruct (decide (c = a)) as [->|]; [naive_solver congruence|done].
    + by apply u32_weights_add.
  - intros a d' b Hd'. rewrite lookup_insert. destruct (decide (c = a)) as [->|]; [naive_solver congruence|done].
  - rewrite size_insert_new by done. lia.
  - rewrite size_insert_new by done. lia.
  - cbn. lia.
  - apply (lo_current _ _ _ Hw).
Qed.

(** [connection_unqueued], and the count of the queue. *)
Lemma dequeue_spec k pl w c d x : lists_ok k pl w -> w_downloads w !! d = Some x -> pl !! c = Some (d, false) ->
  exists e', connection_unqueued (dl_entry x) c = Ok e'
    /\ lists_ok k (delete c pl) (update_queue (dl_group x) (modify_currently_queued (-1)) (set_entry d e' w)).
Proof.
  intros Hw Hx Hc. destruct (lo_entry _ _ _ Hw _ _ Hx) as [Hqn Hun Hq Hu Hqw Huw Hmx Hmn (cq & Hcq & Hg)].
  assert (Hin : c ∈ ids (ge_queued (dl_entry x))) by (by apply Hq).
  destruct (remove_found_ok _ _ Hin) as (l' & Hr & _).
  unfold connection_unqueued. rewrite Hr. res_simpl. eexists; split; [done|].
  destruct (ids_remove c _ _ Hqn Hin Hr) as (Hn' & Hin' & Hl').
  pose proof (queue_counts_small _ _ _ _ _ Hw Hcq) as Hsm. pose proof (lo_few _ _ _ Hw).
  pose proof (proj1 (entry_counts _ _ _ _ _ _ Hw Hx Hcq)) as Hle. pose proof (zlen_nonneg l').
  eapply (lists_replace _ _ _ _ _ _ d x _ _ cq (-1) 0 Hw Hx Hcq).
  - apply set_entry_downloads. done.
  - rewrite (update_queue_queues _ _ _ cq) by done. unfold modify_currently_queued. rewrite u32_small, Z.add_0_r by lia. done.
  - done.
  - cbn. lia.
  - constructor; cbn; try done.
    + intros a. rewrite Hin', Hq, lookup_delete. destruct (decide (c = a)) as [->|]; naive_solver.
    + intros a. rewrite Hu, lookup_delete. destruct (decide (c = a)) as [->|]; naive_solver congruence.
    + exact (u32_weights_remove _ _ _ Hqw Hr).
  - intros a d' b Hd'. rewrite lookup_delete. destruct (decide (c = a)) as [->|]; naive_solver congruence.
  - rewrite (size_delete_old _ _ _ Hc). lia.
  - rewrite (size_delete_old _ _ _ Hc). lia.
  - cbn. lia.
  - apply (lo_current _ _ _ Hw).
Qed.

(** [connection_choked] when the connection leaves. *)
Lemma drop_spec k pl w c d x : lists_ok k pl w -> w_downloads w !! d = Some x -> pl !! c = Some (d, true) ->
  exists e', connection_choked (dl_entry x) c = Ok e' /\ zlen (ge_unchoked e') = zlen (ge_unchoked (dl_entry x)) - 1
    /\ lists_ok (k - 1) (delete c pl) (update_queue (dl_group x) (modify_currently_unchoked (-1)) (set_entry d e' w)).
Proof.
  intros Hw Hx Hc. destruct (lo_entry _ _ _ Hw _ _ Hx) as [Hqn Hun Hq Hu Hqw Huw Hmx Hmn (cq & Hcq & Hg)].
  assert (Hin : c ∈ ids (ge_unchoked (dl_entry x))) by (by apply Hu).
  destruct (remove_found_ok _ _ Hin) as (l' & Hr & _).
  unfold connection_choked. rewrite Hr. res_simpl. exists (mutable_unchoked (dl_entry x) l').
  destruct (ids_remove c _ _ Hun Hin Hr) as (Hn' & Hin' & Hl'). split_and!; [done|done|].
  pose proof (queue_counts_small _ _ _ _ _ Hw Hcq) as Hsm. pose proof (lo_few _ _ _ Hw).
  pose proof (proj2 (entry_counts _ _ _ _ _ _ Hw Hx Hcq)) as Hle. pose proof (zlen_nonneg l').
  eapply (lists_replace _ _ _ _ _ _ d x _ _ cq 0 (-1) Hw Hx Hcq).
  - apply set_entry_downloads. done.
  - rewrite (update_queue_queues _ _ _ cq) by done. unfold modify_currently_unchoked. rewrite u32_small, Z.add_0_r by lia. done.
  - cbn. lia.
  - done.
  - constructor; cbn; try done.
    + intros a. rewrite Hq, lookup_delete. destruct (decide (c = a)) as [->|]; naive_solver congruence.
    + intros a. rewrite Hin', Hu, lookup_delete. destruct (decide (c = a)) as [->|]; naive_solver.
    + exact (u32_weights_remove _ _ _ Huw Hr).
  - intros a d' b Hd'. rewrite lookup_delete. destruct (decide (c = a)) as [->|]; naive_solver congruence.
  - rewrite (size_delete_old _ _ _ Hc). lia.
  - rewrite (size_delete_old _ _ _ Hc). lia.
  - cbn. lia.
  - apply (lo_current _ _ _ Hw).
Qed.

(** What a choke and an unchoke do to the lists of the entry. *)
Definition choked_entry (c : nat) (e e' : group_entry) : Prop :=
  ge_max_slots e' = ge_max_slots e /\ ge_min_slots e' = ge_min_slots e
  /\ remove_found c (ge_unchoked e) = Ok (ge_unchoked e') /\ ge_queued e' = ge_queued e ++ [WC c 0].
Definition unchoked_entry (c : nat) (e e' : group_entry) : Prop :=
  ge_max_slots e' = ge_max_slots e /\ ge_min_slots e' = ge_min_slots e
  /\ remove_found c (ge_queued e) = Ok (ge_queued e') /\ ge_unchoked e' = ge_unchoked e ++ [WC c 0].
Definition moved_entry (choke : bool) : nat -> group_entry -> group_entry -> Prop :=
  if choke then choked_entry else unchoked_entry.

(** +1 for an unchoke, -1 for a choke. *)
Definition delta (choke : bool) : Z := if choke then -1 else 1.

Definition info_ok (w : world) : Prop :=
  forall d x, w_downloads w !! d = Some x -> dl_unchoked x = zlen (ge_unchoked (dl_entry x)).

(** Everything a choke or an unchoke changes of the lists and the queue. *)
Record moved (choke : bool) (c d : nat) (x : download) (w w' : world) : Prop := {
  mv_downloads : exists e', moved_entry choke c (dl_entry x) e' /\
    w_downloads w' = <[d := Download (dl_group x) e' (dl_unchoked x + delta choke)]> (w_downloads w);
  mv_queues : exists cq, w_queues w !! dl_group x = Some cq /\
    w_queues w' = <[dl_group x := set_counts (cq_currently_queued cq - delta choke) (cq_currently_unchoked cq + delta choke) cq]> (w_queues w);
  mv_currently : w_currently w' = w_currently w;
  mv_max : w_max w' = w_max w;
  mv_random : w_random w' = w_random w;
}.

Lemma moved_lists k pl w c d x w' choke : lists_ok k pl w -> w_downloads w !! d = Some x -> pl !! c = Some (d, choke) ->
  moved choke c d x w w' -> lists_ok (k + delta choke) (<[c := (d, negb choke)]> pl) w'.
Proof.
  intros Hw Hx Hc [(e' & He' & Hdl) (cq & Hcq & Hqs) Hcur _ _].
  destruct (lo_entry _ _ _ Hw _ _ Hx) as [Hqn Hun Hq Hu Hqw Huw Hmx Hmn _].
  eapply (lists_replace _ _ _ _ _ _ d x e' _ cq (- delta choke) (delta choke) Hw Hx Hcq Hdl).
  - rewrite Hqs. done.
  - destruct choke; destruct He' as (_ & _ & Hr & Hadd); cbn [delta].
    + rewrite Hadd. unfold zlen. rewrite length_app. cbn. lia.
    + destruct (ids_remove c _ _ Hqn ltac:(by apply Hq) Hr) as (_ & _ & ->). lia.
  - destruct choke; destruct He' as (_ & _ & Hr & Hadd); cbn [delta].
    + destruct (ids_remove c _ _ Hun ltac:(by apply Hu) Hr) as (_ & _ & ->). lia.
    + rewrite Hadd. unfold zlen. rewrite length_app. cbn. lia.
  - destruct choke; destruct He' as (Hm1 & Hm2 & Hr & Hadd); cbn [negb].
    + destruct (ids_remove c _ _ Hun ltac:(by apply Hu) Hr) as (Hn' & Hin' & _).
      destruct (ids_add c (ge_queued (dl_entry x)) Hqn ltac:(rewrite Hq; congruence)) as (Hn2 & Hin2 & _).
      constructor; rewrite ?Hadd, ?Hm1, ?Hm2; try done.
      * intros a. rewrite Hin2, Hq, lookup_insert. destruct (decide (c = a)) as [->|]; naive_solver.
      * intros a. rewrite Hin', Hu, lookup_insert. destruct (decide (c = a)) as [->|]; naive_solver.
      * by apply u32_weights_add.
      * exact (u32_weights_remove _ _ _ Huw Hr).
    + destruct (ids_remove c _ _ Hqn ltac:(by apply Hq) Hr) as (Hn' & Hin' & _).
      destruct (ids_add c (ge_unchoked (dl_entry x)) Hun ltac:(rewrite Hu; congruence)) as (Hn2 & Hin2 & _).
      constructor; rewrite ?Hadd, ?Hm1, ?Hm2; try done.
      * intros a. rewrite Hin', Hq, lookup_insert. destruct (decide (c = a)) as [->|]; naive_solver.
      * intros a. rewrite Hin2, Hu, lookup_insert. destruct (decide (c = a)) as [->|]; naive_solver.
      * exact (u32_weights_remove _ _ _ Hqw Hr).
      * by apply u32_weights_add.
  - intros a d' b Hd'. rewrite lookup_insert. destruct (decide (c = a)) as [->|]; naive_solver congruence.
  - rewrite (size_insert_old _ _ _ _ Hc). lia.
  - rewrite (size_insert_old _ _ _ _ Hc). apply (lo_few _ _ _ Hw).
  - rewrite Hcur. lia.
  - rewrite Hcur. apply (lo_current _ _ _ Hw).
Qed.

Lemma moved_info choke c d x w w' : info_ok w -> w_downloads w !! d = Some x ->
  NoDup (ids (ge_unchoked (dl_entry x))) -> (choke = true -> c ∈ ids (ge_unchoked (dl_entry x))) ->
  moved choke c d x w w' -> info_ok w'.
Proof.
  intros Hi Hx Hnd Hin [(e' & He' & Hdl) _ _ _ _] d1 x1 Hx1. rewrite Hdl in Hx1.
  destruct (decide (d1 = d)) as [->|]; [|rewrite lookup_insert_ne in Hx1 by done; by apply (Hi d1)].
  rewrite lookup_insert_eq in Hx1. simplify_eq. cbn. rewrite (Hi _ _ Hx).
  destruct choke; destruct He' as (_ & _ & Hr & Hadd); cbn [delta].
  - destruct (ids_remove c _ _ Hnd (Hin eq_refl) Hr) as (_ & _ & ->). lia.
  - rewrite Hadd. unfold zlen. rewrite length_app. cbn. lia.
Qed.

Section facts.
Context `{!Sorter}.
Variable is_up : bool.
Variable env : environment.

Lemma entry_lengths k pl w d x : lists_ok k pl w -> w_downloads w !! d = Some x ->
  0 <= zlen (ge_queued (dl_entry x)) /\ 0 <= zlen (ge_unchoked (dl_entry x))
  /\ zlen (ge_queued (dl_entry x)) + zlen (ge_unchoked (dl_entry x)) <= Z.of_nat (size pl).
Proof.
  intros Hw Hx. destruct (lists_queue _ _ _ _ _ Hw Hx) as (cq & Hcq & _).
  pose proof (entry_counts _ _ _ _ _ _ Hw Hx Hcq). pose proof (queue_counts_small _ _ _ _ _ Hw Hcq).
  pose proof (zlen_nonneg (ge_queued (dl_entry x))). pose proof (zlen_nonneg (ge_unchoked (dl_entry x))). lia.
Qed.

(** The counter and the two list operations of a move. *)
Lemma on_entry_twice d n f g w x e1 e2 : w_downloads w !! d = Some x -> 0 <= dl_unchoked x + n < 2 ^ 32 ->
  f (dl_entry x) = Ok e1 -> g e1 = Ok e2 ->
  exists w1 w2, on_entry d f (update_info d n w) = Ok w1 /\ on_entry d g w1 = Ok w2
    /\ w_downloads w2 = <[d := Download (dl_group x) e2 (dl_unchoked x + n)]> (w_downloads w)
    /\ w_peers w2 = w_peers w /\ w_queues w2 = w_queues w /\ w_currently w2 = w_currently w
    /\ w_max w2 = w_max w /\ w_random w2 = w_random w.
Proof.
  intros Hx Hn Hf Hg.
  assert (Hi : w_downloads (update_info d n w) = <[d := Download (dl_group x) (dl_entry x) (dl_unchoked x + n)]> (w_downloads w)).
  { unfold update_info. cbn. by rewrite (alter_lookup _ _ _ _ Hx), u32_small by lia. }
  exists (set_entry d e1 (update_info d n w)), (set_entry d e2 (set_entry d e1 (update_info d n w))).
  assert (H1 : w_downloads (set_entry d e1 (update_info d n w))
               = <[d := Download (dl_group x) e1 (dl_unchoked x + n)]> (w_downloads w)).
  { erewrite set_entry_downloads; rewrite Hi; [|by rewrite lookup_insert_eq]. by rewrite insert_insert_eq. }
  split_and!; try done.
  - eapply on_entry_ok; [rewrite Hi; apply lookup_insert_eq|done].
  - eapply on_entry_ok; [rewrite H1; apply lookup_insert_eq|done].
  - erewrite set_entry_downloads; rewrite H1; [|by rewrite lookup_insert_eq]. by rewrite insert_insert_eq.
Qed.

Lemma counts_moved q w cq n : w_queues w !! q = Some cq ->
  0 <= cq_currently_queued cq - n < 2 ^ 32 -> 0 <= cq_currently_unchoked cq + n < 2 ^ 32 ->
  w_queues (update_queue q (modify_currently_queued (- n)) (update_queue q (modify_currently_unchoked n) w))
  = <[q := set_counts (cq_currently_queued cq - n) (cq_currently_unchoked cq + n) cq]> (w_queues w).
Proof.
  intros Hq H1 H2. rewrite (update_queue_queues _ _ _ (modify_currently_unchoked n cq)); rewrite (update_queue_queues _ _ _ cq) by done.
  - rewrite list_insert_insert_eq. f_equal. unfold modify_currently_queued, modify_currently_unchoked. cbn.
    rewrite !u32_small by lia. done.
  - apply list_lookup_insert_eq. by apply lookup_lt_Some in Hq.
Qed.

(** The list operations of a choke or unchoke, on an entry that lists the
    connection. *)
Lemma moved_entry_ops pl qs d x c choke : entry_ok pl qs d x -> pl !! c = Some (d, choke) ->
  exists e1 e2, moved_entry choke c (dl_entry x) e2
  /\ (if choke then connection_choked (dl_entry x) c = Ok e1 /\ connection_queued e1 c = Ok e2 /\ 1 <= zlen (ge_unchoked (dl_entry x))
      else connection_unqueued (dl_entry x) c = Ok e1 /\ connection_unchoked e1 c = Ok e2 /\ 1 <= zlen (ge_queued (dl_entry x))).
Proof.
  intros [Hqn Hun Hq Hu _ _ _ _ _] Hc. destruct choke; cbn [moved_entry].
  - assert (Hin : c ∈ ids (ge_unchoked (dl_entry x))) by (by apply Hu).
    destruct (remove_found_ok _ _ Hin) as (l' & Hr & _). destruct (ids_remove c _ _ Hun Hin Hr) as (_ & _ & Hl').
    pose proof (zlen_nonneg l').
    exists (mutable_unchoked (dl_entry x) l'), (mutable_queued (mutable_unchoked (dl_entry x) l') (ge_queued (dl_entry x) ++ [WC c 0])).
    unfold connection_choked, connection_queued. rewrite Hr. res_simpl. rewrite emplace_new_ok by (cbn; rewrite Hq; congruence).
    split_and!; try done; lia.
  - assert (Hin : c ∈ ids (ge_queued (dl_entry x))) by (by apply Hq).
    destruct (remove_found_ok _ _ Hin) as (l' & Hr & _). destruct (ids_remove c _ _ Hqn Hin Hr) as (_ & _ & Hl').
    pose proof (zlen_nonneg l').
    exists (mutable_queued (dl_entry x) l'), (mutable_unchoked (mutable_queued (dl_entry x) l') (ge_unchoked (dl_entry x) ++ [WC c 0])).
    unfold connection_unqueued, connection_unchoked. rewrite Hr. res_simpl. rewrite emplace_new_ok by (cbn; rewrite Hu; congruence).
    split_and!; try done; lia.
Qed.

Lemma move_choked_spec k pl w c p x choke : lists_ok k pl w -> info_ok w -> w_peers w !! c = Some p ->
  w_downloads w !! cs_entry (pc_choke p) = Some x -> cs_unchoked (pc_choke p) = choke ->
  pl !! c = Some (cs_entry (pc_choke p), choke) ->
  exists w', move_choked env choke c w = Ok w' /\ moved choke c (cs_entry (pc_choke p)) x w w'
    /\ w_peers w' = <[c := set_choke (set_cs_unchoked (negb choke) (env_now env) (pc_choke p)) p]> (w_peers w).
Proof.
  intros Hw Hinfo Hp Hx Huc Hc. set (d := cs_entry (pc_choke p)) in *.
  pose proof (lo_entry _ _ _ Hw _ _ Hx) as Hent. destruct (eo_group _ _ _ _ Hent) as (cq & Hcq & _).
  pose proof (entry_lengths _ _ _ _ _ Hw Hx) as Hlens. pose proof (lo_few _ _ _ Hw) as Hfew.
  pose proof (Hinfo _ _ Hx) as Hn. pose proof (entry_counts _ _ _ _ _ _ Hw Hx Hcq) as Hcnt.
  pose proof (queue_counts_small _ _ _ _ _ Hw Hcq) as Hsm.
  destruct (moved_entry_ops _ _ _ _ _ _ Hent Hc) as (e1 & e2 & Hmv & Hops).
  unfold move_choked. rewrite Hp. res_simpl. rewrite Huc. fold d.
  set (w1 := update_status c (set_cs_unchoked (negb choke) (env_now env)) w).
  assert (Hp1 : w_peers w1 = <[c := set_choke (set_cs_unchoked (negb choke) (env_now env) (pc_choke p)) p]> (w_peers w)).
  { unfold w1, update_status, update_peer. cbn. by rewrite (alter_lookup _ _ _ _ Hp). }
  assert (Hlen : 1 <= (if choke then zlen (ge_unchoked (dl_entry x)) else zlen (ge_queued (dl_entry x)))) by (destruct choke; tauto).
  assert (Hb : 0 <= dl_unchoked x + delta choke < 2 ^ 32) by (destruct choke; cbn [delta]; lia).
  destruct (on_entry_twice d (delta choke) (fun e => if choke then connection_choked e c else connection_unqueued e c)
              (fun e => if choke then connection_queued e c else connection_unchoked e c) w1 x e1 e2)
    as (w2 & w3 & H2 & H3 & Hd3 & Hp3 & Hq3 & Hc3 & Hm3 & Hr3); [done|done|destruct choke; tauto..|].
  assert (Hqof : queue_of c w3 = Ok (dl_group x)).
  { rewrite (queue_of_ok c w3 (set_choke (set_cs_unchoked (negb choke) (env_now env) (pc_choke p)) p)
               (Download (dl_group x) e2 (dl_unchoked x + delta choke))); [done|by rewrite Hp3, Hp1, lookup_insert_eq|].
    rewrite Hd3. apply lookup_insert_eq. }
  assert (Hqs := counts_moved (dl_group x) w3 cq (delta choke) ltac:(by rewrite Hq3) ltac:(destruct choke; cbn [delta]; lia)
                   ltac:(destruct choke; cbn [delta]; lia)).
  rewrite Hq3 in Hqs.
  destruct choke; cbn [delta negb eqb] in *; res_simpl; rewrite H2; res_simpl; rewrite H3; res_simpl; rewrite Hqof; res_simpl;
    (eexists; split; [done|]; split; [|by rewrite <- Hp1, <- Hp3]); constructor; try done; eauto.
Qed.

Lemma moved_ext choke c d x w w' w'' : w_downloads w'' = w_downloads w' -> w_queues w'' = w_queues w' ->
  w_currently w'' = w_currently w' -> w_max w'' = w_max w' -> w_random w'' = w_random w' ->
  moved choke c d x w w' -> moved choke c d x w w''.
Proof. intros Hd Hq Hc Hm Hr []. by constructor; rewrite ?Hd, ?Hq, ?Hc, ?Hm, ?Hr. Qed.

(** The slot, on a connection that is listed: it always succeeds, and says
    [false] only for a choke of a connection the remote peer has choked. *)
Lemma slot_connection_spec k pl w c p x choke : lists_ok k pl w -> info_ok w -> w_peers w !! c = Some p ->
  w_downloads w !! cs_entry (pc_choke p) = Some x -> cs_unchoked (pc_choke p) = choke ->
  pl !! c = Some (cs_entry (pc_choke p), choke) ->
  (is_up = true \/ choke = false \/ pc_down_unchoked p = true \/ cs_queued (pc_choke p) = false) ->
  exists w' b p', slot_connection is_up env c choke w = Ok (w', b) /\ moved choke c (cs_entry (pc_choke p)) x w w'
    /\ w_peers w' = <[c := p']> (w_peers w) /\ pc_choke p' = set_cs_unchoked (negb choke) (env_now env) (pc_choke p)
    /\ pc_down_unchoked p' = pc_down_unchoked p
    /\ (is_up = true \/ choke = false \/ pc_down_unchoked p = true -> b = true).
Proof.
  intros Hw Hinfo Hp Hx Huc Hc Hside.
  destruct (move_choked_spec _ _ _ _ _ _ _ Hw Hinfo Hp Hx Huc Hc) as (w1 & Hmv & Hmoved & Hp1).
  set (p1 := set_choke _ p) in Hp1. assert (Hl1 : w_peers w1 !! c = Some p1) by (rewrite Hp1; apply lookup_insert_eq).
  assert (Hupd : forall f, w_peers (update_peer c f w1) = <[c := f p1]> (w_peers w)).
  { intros f. unfold update_peer. cbn. rewrite (alter_lookup _ _ _ _ Hl1), Hp1. by rewrite insert_insert_eq. }
  unfold slot_connection. destruct is_up.
  - unfold receive_upload_choke. rewrite Hmv. res_simpl. eexists _, _, _. split_and!; [done|by apply (moved_ext _ _ _ _ _ w1)|apply Hupd|done..].
  - cbn [receive_download_choke]. rewrite Hmv. res_simpl. rewrite Hl1. res_simpl.
    destruct choke.
    + change (pc_down_unchoked p1) with (pc_down_unchoked p). destruct (pc_down_unchoked p) eqn:Hdu.
      * eexists _, _, _. split_and!; [done|by apply (moved_ext _ _ _ _ _ w1)|apply Hupd|done..].
      * assert (Hq : cs_queued (pc_choke p) = false) by naive_solver.
        unfold set_not_queued_with. rewrite Hl1. res_simpl.
        change (cs_queued (pc_choke p1)) with (cs_queued (pc_choke p)). rewrite Hq. cbn [negb]. res_simpl.
        eexists _, _, p1. split_and!; try done. naive_solver.
    + change (pc_down_interested p1) with (pc_down_interested p). destruct (pc_down_interested p); cbn [negb];
      eexists _, _, _; (split_and!; [done|by apply (moved_ext _ _ _ _ _ w1)|apply Hupd|done..]).
Qed.

(** Where the status says a connection is. *)
Definition place_of (s : choke_status) : option (nat * bool) :=
  if cs_unchoked s then Some (cs_entry s, true)
  else if cs_queued s && negb (cs_snubbed s) then Some (cs_entry s, false)
  else None.

Definition places_of (peers : gmap nat peer) : places := omap (fun p => place_of (pc_choke p)) peers.

(** An unchoked connection is interested and not snubbed, and on the download
    side a queued connection is one the remote peer has unchoked. *)
Definition peer_ok (p : peer) : Prop :=
  (cs_unchoked (pc_choke p) = true -> cs_queued (pc_choke p) = true /\ cs_snubbed (pc_choke p) = false)
  /\ (is_up = false -> cs_queued (pc_choke p) = true -> pc_down_unchoked p = true).

Record world_inv (k : Z) (w : world) : Prop := {
  wi_lists : lists_ok k (places_of (w_peers w)) w;
  wi_info : info_ok w;
  wi_peers : forall c p, w_peers w !! c = Some p -> peer_ok p /\ is_Some (w_downloads w !! cs_entry (pc_choke p));
  wi_few : Z.of_nat (size (w_peers w)) < 2 ^ 30;
}.

(** The invariant between two calls. *)
Definition world_ok (w : world) : Prop := world_inv 0 w.

Lemma places_lookup peers c : places_of peers !! c = peers !! c ≫= fun p => place_of (pc_choke p).
Proof. apply lookup_omap. Qed.

Lemma places_insert peers c p : places_of (<[c := p]> peers) =
  match place_of (pc_choke p) with Some v => <[c := v]> (places_of peers) | None => delete c (places_of peers) end.
Proof. unfold places_of. destruct (place_of (pc_choke p)) eqn:E; [by apply omap_insert_Some|by apply omap_insert_None]. Qed.

Lemma places_same peers c p p' : peers !! c = Some p -> place_of (pc_choke p') = place_of (pc_choke p) ->
  places_of (<[c := p']> peers) = places_of peers.
Proof.
  intros Hp He. apply map_eq. intros a. rewrite !places_lookup. destruct (decide (a = c)) as [->|].
  - by rewrite lookup_insert_eq, Hp.
  - by rewrite lookup_insert_ne.
Qed.

Lemma places_small peers : Z.of_nat (size (places_of peers)) <= Z.of_nat (size peers).
Proof.
  assert (Hd : dom (places_of peers) ⊆ dom peers) by apply dom_omap_subseteq.
  apply subseteq_size in Hd. rewrite !size_dom in Hd. lia.
Qed.

Lemma update_status_peers c f w p : w_peers w !! c = Some p ->
  w_peers (update_status c f w) = <[c := set_choke (f (pc_choke p)) p]> (w_peers w).
Proof. intros Hp. unfold update_status, update_peer. cbn. by rewrite (alter_lookup _ _ _ _ Hp). Qed.

Lemma moved_is_some choke c d x w w' e : w_downloads w !! d = Some x -> moved choke c d x w w' ->
  is_Some (w_downloads w !! e) -> is_Some (w_downloads w' !! e).
Proof.
  intros Hx [(e' & _ & Hdl) _ _ _ _] He. rewrite Hdl. destruct (decide (e = d)) as [->|];
    [by rewrite lookup_insert_eq|by rewrite lookup_insert_ne].
Qed.

(** The slot called on a connection at rest: what balancing does. *)
Lemma slot_at_rest k w c p choke : world_inv k w -> w_peers w !! c = Some p ->
  place_of (pc_choke p) = Some (cs_entry (pc_choke p), choke) ->
  exists w' p' x, slot_connection is_up env c choke w = Ok (w', true) /\ world_inv (k + delta choke) w'
    /\ w_downloads w !! cs_entry (pc_choke p) = Some x /\ moved choke c (cs_entry (pc_choke p)) x w w'
    /\ w_peers w' = <[c := p']> (w_peers w) /\ pc_choke p' = set_cs_unchoked (negb choke) (env_now env) (pc_choke p)
    /\ place_of (pc_choke p') = Some (cs_entry (pc_choke p), negb choke).
Proof.
  intros [Hl Hi Hpe Hf] Hp Hpl. destruct (Hpe _ _ Hp) as [[Hok1 Hok2] [x Hx]].
  assert (Huc : cs_unchoked (pc_choke p) = choke /\ cs_queued (pc_choke p) = true /\ cs_snubbed (pc_choke p) = false).
  { unfold place_of in Hpl. destruct (cs_unchoked (pc_choke p)) eqn:E; simplify_eq.
    - split; [done|]. by apply Hok1.
    - destruct (cs_queued (pc_choke p)), (cs_snubbed (pc_choke p)); simplify_eq/=. done. }
  destruct Huc as (Huc & Hq & Hs).
  assert (Hc : places_of (w_peers w) !! c = Some (cs_entry (pc_choke p), choke)) by (rewrite places_lookup, Hp; done).
  assert (Hside : is_up = true \/ choke = false \/ pc_down_unchoked p = true).
  { destruct is_up eqn:E; [by left|]. right; right. by apply Hok2. }
  destruct (slot_connection_spec k _ w c p x choke Hl Hi Hp Hx Huc Hc ltac:(naive_solver))
    as (w' & b & p' & Hslot & Hmv & Hp' & Hs' & Hdu & Hb).
  rewrite Hb in Hslot by done. exists w', p', x.
  assert (Hpl' : place_of (pc_choke p') = Some (cs_entry (pc_choke p), negb choke)).
  { rewrite Hs'. unfold place_of. cbn. rewrite Hq, Hs. by destruct choke. }
  split_and!; try done. constructor.
  - rewrite Hp', places_insert, Hpl'. by eapply moved_lists.
  - eapply moved_info; [done|done|apply (lo_entry _ _ _ Hl _ _ Hx)| |done].
    intros ->. by apply (eo_unchoked _ _ _ _ (lo_entry _ _ _ Hl _ _ Hx)).
  - intros a pa Ha. rewrite Hp' in Ha. destruct (decide (a = c)) as [->|].
    + rewrite lookup_insert_eq in Ha. simplify_eq. split; [|rewrite Hs'; cbn; by eapply moved_is_some].
      unfold peer_ok. rewrite Hs', Hdu. cbn. split; [done|]. intros He _. by apply Hok2.
    + rewrite lookup_insert_ne in Ha by done. destruct (Hpe _ _ Ha) as [Hoka Hxa]. split; [done|by eapply moved_is_some].
  - rewrite Hp', map_size_insert_Some by (by rewrite Hp; eauto). done.
Qed.

Lemma slot_unchoke_spec k pl w n : lists_ok k pl w -> 0 <= w_currently w + n < 2 ^ 30 ->
  slot_unchoke n w = Ok (set_currently (w_currently w + n) w) /\ lists_ok (k - n) pl (set_currently (w_currently w + n) w).
Proof.
  intros Hw Hn. pose proof (lo_current _ _ _ Hw). unfold slot_unchoke. rewrite s32_small by lia.
  rewrite (proj2 (throw_when_ok _ _ tt)) by (apply Z.ltb_ge; lia). res_simpl. rewrite u32_small by lia. split; [done|].
  destruct Hw. constructor; cbn; try done. lia.
Qed.

Lemma set_currently_inv k n w : world_inv k w -> lists_ok (k - n) (places_of (w_peers w)) (set_currently (w_currently w + n) w) ->
  world_inv (k - n) (set_currently (w_currently w + n) w).
Proof. intros []. by constructor. Qed.

(** Telling the counter settles the debt. *)
Lemma slot_unchoke_settles k w : world_inv k w ->
  exists w', slot_unchoke k w = Ok w' /\ world_ok w' /\ w_peers w' = w_peers w /\ w_downloads w' = w_downloads w
    /\ w_queues w' = w_queues w /\ w_max w' = w_max w.
Proof.
  intros Hw. pose proof (wi_lists _ _ Hw) as Hl. pose proof (total_unchoked_small _ _ _ Hl) as Ht.
  pose proof (lo_total _ _ _ Hl) as Htot. pose proof (lo_few _ _ _ Hl) as Hfew.
  destruct (slot_unchoke_spec k _ w k Hl ltac:(lia)) as [Heq Hl']. exists (set_currently (w_currently w + k) w).
  split; [done|]. split; [|done]. apply (set_currently_inv k k w Hw) in Hl'. by rewrite Z.sub_diag in Hl'.
Qed.

Lemma world_inv_update k0 k w w' c p p' : world_inv k0 w -> w_peers w !! c = Some p ->
  w_peers w' = <[c := p']> (w_peers w) -> lists_ok k (places_of (<[c := p']> (w_peers w))) w' -> info_ok w' -> peer_ok p' ->
  (forall e, is_Some (w_downloads w !! e) -> is_Some (w_downloads w' !! e)) ->
  cs_entry (pc_choke p') = cs_entry (pc_choke p) -> world_inv k w'.
Proof.
  intros [Hl Hi Hpe Hf] Hp Hp' Hl' Hi' Hok Hsome He. constructor; [by rewrite Hp'|done| |].
  - intros a pa Ha. rewrite Hp' in Ha. destruct (decide (a = c)) as [->|].
    + rewrite lookup_insert_eq in Ha. simplify_eq. split; [done|]. rewrite He. by apply Hsome, (Hpe c).
    + rewrite lookup_insert_ne in Ha by done. destruct (Hpe _ _ Ha). auto.
  - by rewrite Hp', map_size_insert_Some by (by rewrite Hp; eauto).
Qed.

(** A change of a connection that does not move it. *)
Lemma update_peer_inv k w c p f : world_inv k w -> w_peers w !! c = Some p ->
  place_of (pc_choke (f p)) = place_of (pc_choke p) -> cs_entry (pc_choke (f p)) = cs_entry (pc_choke p) -> peer_ok (f p) ->
  world_inv k (update_peer c f w).
Proof.
  intros Hw Hp Hpl He Hok.
  assert (Hup : w_peers (update_peer c f w) = <[c := f p]> (w_peers w)) by (unfold update_peer; cbn; by rewrite (alter_lookup _ _ _ _ Hp)).
  eapply world_inv_update; [done|done|done| |apply Hw|done|done|done].
  rewrite (places_same _ _ p) by done. by eapply lists_ok_ext, (wi_lists _ _ Hw).
Qed.

Lemma set_entry_info d e w x : info_ok w -> w_downloads w !! d = Some x -> zlen (ge_unchoked e) = zlen (ge_unchoked (dl_entry x)) ->
  info_ok (set_entry d e w).
Proof.
  intros Hi Hx Hl d1 x1. rewrite (set_entry_downloads _ _ _ _ Hx). destruct (decide (d1 = d)) as [->|].
  - rewrite lookup_insert_eq. intros [= <-]. cbn. rewrite Hl. exact (Hi _ _ Hx).
  - rewrite lookup_insert_ne by done. apply (Hi d1).
Qed.

Lemma set_entry_some d e w d' : is_Some (w_downloads w !! d') -> is_Some (w_downloads (set_entry d e w) !! d').
Proof.
  intros Hs. unfold set_entry. cbn. destruct (decide (d' = d)) as [->|]; [|by rewrite lookup_alter_ne].
  rewrite lookup_alter_eq. by rewrite fmap_is_Some.
Qed.

Lemma unchoke_if_room_spec w c p x base : world_ok w -> w_peers w !! c = Some p ->
  place_of (pc_choke p) = Some (cs_entry (pc_choke p), false) -> w_downloads w !! cs_entry (pc_choke p) = Some x ->
  exists w', unchoke_if_room is_up env c base (dl_group x) w = Ok w' /\ world_ok w'.
Proof.
  intros Hw Hp Hpl Hx. unfold unchoke_if_room.
  destruct (lists_queue _ _ _ _ _ (wi_lists _ _ Hw) Hx) as (cq & Hcq & _). rewrite Hcq. res_simpl.
  unfold should_connection_unchoke. rewrite Hp. res_simpl. rewrite Hx. res_simpl.
  match goal with |- context [if ?b then _ else _] => destruct b; [|by exists w] end.
  destruct (slot_at_rest 0 w c p false Hw Hp Hpl) as (w1 & p1 & x1 & Hslot & Hw1 & _). rewrite Hslot. res_simpl.
  destruct (slot_unchoke_settles _ _ Hw1) as (w2 & H2 & Hok2 & _). cbn [delta] in H2. exists w2. done.
Qed.

(** The shared end of [set_queued] and [set_not_snubbed]: the connection is
    put on the list it was not on. *)
Lemma enlist_spec k w c p x s : world_inv k w -> w_peers w !! c = Some p -> place_of (pc_choke p) = None ->
  w_downloads w !! cs_entry (pc_choke p) = Some x -> place_of s = Some (cs_entry (pc_choke p), false) ->
  cs_entry s = cs_entry (pc_choke p) -> peer_ok (set_choke s p) ->
  exists e', connection_queued (dl_entry x) c = Ok e'
    /\ world_inv k (update_queue (dl_group x) (modify_currently_queued 1)
                     (set_entry (cs_entry s) e' (update_status c (fun _ => s) w))).
Proof.
  intros Hw Hp Hpl Hx Hs He Hok. pose proof (wi_lists _ _ Hw) as Hl.
  assert (Hnone : places_of (w_peers w) !! c = None) by (rewrite places_lookup, Hp; done).
  assert (Hfew : Z.of_nat (size (places_of (w_peers w))) + 1 < 2 ^ 30).
  { pose proof (wi_few _ _ Hw). rewrite <- (size_insert_new _ _ (cs_entry (pc_choke p), false) Hnone).
    pose proof (places_small (<[c := set_choke s p]> (w_peers w))) as Hps.
    rewrite map_size_insert_Some in Hps by (by rewrite Hp; eauto). rewrite places_insert in Hps. cbn [pc_choke set_choke] in Hps.
    rewrite Hs in Hps. lia. }
  destruct (enqueue_spec k (places_of (w_peers w)) (update_status c (fun _ => s) w) c (cs_entry s) x) as (e' & Hc & Hl').
  { by eapply lists_ok_ext, Hl. } { by rewrite He. } { done. } { done. }
  exists e'. split; [done|].
  eapply (world_inv_update _ _ w _ c p (set_choke s p)); [done|done|by rewrite <- (update_status_peers c (fun _ => s) w p)|..].
  - rewrite places_insert. cbn [pc_choke set_choke]. rewrite Hs. rewrite <- He. done.
  - apply (set_entry_info _ _ (update_status c (fun _ => s) w) x); [apply Hw|by rewrite He|].
    unfold connection_queued in Hc. destruct (emplace_new c (ge_queued (dl_entry x))); simplify_eq/=. done.
  - done.
  - intros d Hd. apply set_entry_some. done.
  - done.
Qed.

Lemma unqueued_info d c w x e : info_ok w -> w_downloads w !! d = Some x -> connection_unqueued (dl_entry x) c = Ok e ->
  info_ok (set_entry d e w).
Proof.
  intros Hi Hx He. apply (set_entry_info _ _ _ x); [done..|].
  unfold connection_unqueued in He. destruct (remove_found c (ge_queued (dl_entry x))); simplify_eq/=. done.
Qed.

(** Off every list: [s1] is the status the caller has set beforehand. *)
Lemma choke_unqueue_spec w c p s1 : lists_ok 0 (places_of (w_peers w)) w -> info_ok w ->
  is_Some (w_downloads w !! cs_entry (pc_choke p)) -> w_peers w !! c = Some p ->
  place_of (pc_choke p) = Some (cs_entry (pc_choke p), cs_unchoked (pc_choke p)) ->
  cs_entry s1 = cs_entry (pc_choke p) -> cs_unchoked s1 = cs_unchoked (pc_choke p) ->
  (is_up = true \/ pc_down_unchoked p = true \/ cs_queued s1 = false) ->
  exists w' p', choke_unqueue (slot_connection is_up env) c (pc_choke p) (update_status c (fun _ => s1) w) = Ok w'
    /\ lists_ok 0 (delete c (places_of (w_peers w))) w' /\ info_ok w'
    /\ w_peers w' = <[c := p']> (w_peers w) /\ pc_down_unchoked p' = pc_down_unchoked p
    /\ cs_entry (pc_choke p') = cs_entry (pc_choke p) /\ cs_queued (pc_choke p') = cs_queued s1
    /\ cs_snubbed (pc_choke p') = cs_snubbed s1 /\ cs_unchoked (pc_choke p') = false
    /\ (forall d, is_Some (w_downloads w !! d) -> is_Some (w_downloads w' !! d)).
Proof.
  intros Hl Hi [x Hx] Hp Hpl He Hu Hside.
  set (w1 := update_status c (fun _ => s1) w). set (p1 := set_choke s1 p).
  assert (Hp1 : w_peers w1 = <[c := p1]> (w_peers w)) by (exact (update_status_peers c (fun _ => s1) w p Hp)).
  assert (Hl1 : lists_ok 0 (places_of (w_peers w)) w1) by (by eapply lists_ok_ext, Hl).
  assert (Hpl1 : places_of (w_peers w) !! c = Some (cs_entry s1, cs_unchoked s1)) by (rewrite places_lookup, Hp, He, Hu; done).
  assert (Hx1 : w_downloads w1 !! cs_entry s1 = Some x) by (rewrite He; exact Hx).
  assert (Hmid : exists w2 p2 x2,
    (if cs_unchoked (pc_choke p) then '(w, _) ← slot_connection is_up env c true w1; slot_unchoke (-1) w else Ok w1) = Ok w2
    /\ lists_ok 0 (<[c := (cs_entry s1, false)]> (places_of (w_peers w))) w2 /\ info_ok w2 /\ w_peers w2 = <[c := p2]> (w_peers w)
    /\ pc_down_unchoked p2 = pc_down_unchoked p /\ w_downloads w2 !! cs_entry s1 = Some x2
    /\ cs_entry (pc_choke p2) = cs_entry s1 /\ cs_queued (pc_choke p2) = cs_queued s1
    /\ cs_snubbed (pc_choke p2) = cs_snubbed s1 /\ cs_unchoked (pc_choke p2) = false
    /\ (forall d, is_Some (w_downloads w !! d) -> is_Some (w_downloads w2 !! d))).
  { destruct (cs_unchoked (pc_choke p)) eqn:Huc.
    - assert (Hplt : places_of (w_peers w) !! c = Some (cs_entry s1, true)) by (by rewrite Hpl1, Hu).
      destruct (slot_connection_spec 0 _ w1 c p1 x true Hl1) as (w2 & b & p2 & Hslot & Hmv & Hp2 & Hs2 & Hdu & _).
      { exact Hi. } { by rewrite Hp1, lookup_insert_eq. } { exact Hx1. } { exact Hu. } { exact Hplt. }
      { change (pc_down_unchoked p1) with (pc_down_unchoked p). change (cs_queued (pc_choke p1)) with (cs_queued s1). naive_solver. }
      rewrite Hslot. res_simpl. assert (Hl2 := moved_lists _ _ _ _ _ _ _ _ Hl1 Hx1 Hplt Hmv).
      cbn [delta negb] in Hl2. pose proof (total_unchoked_small _ _ _ Hl2). pose proof (lo_total _ _ _ Hl2). pose proof (lo_few _ _ _ Hl2).
      destruct (slot_unchoke_spec _ _ w2 (-1) Hl2 ltac:(lia)) as [Heq3 Hl3].
      destruct (moved_is_some _ _ _ _ _ _ (cs_entry s1) Hx1 Hmv ltac:(by rewrite Hx1)) as [x2 Hx2].
      eexists _, p2, x2. split_and!; [exact Heq3|done|..].
      + change (info_ok w2). eapply moved_info; [|..|exact Hmv]; [exact Hi|exact Hx1|apply (lo_entry _ _ _ Hl _ _ Hx)|].
        intros _. apply (eo_unchoked _ _ _ _ (lo_entry _ _ _ Hl _ _ Hx)). by rewrite <- He.
      + rewrite <- (insert_insert_eq (w_peers w) c p2 p1), <- Hp1. done.
      + done.
      + done.
      + by rewrite Hs2.
      + by rewrite Hs2.
      + by rewrite Hs2.
      + by rewrite Hs2.
      + intros d Hd. apply (moved_is_some _ _ _ _ w1 w2 d Hx1 Hmv Hd).
    - exists w1, p1, x. rewrite Hu in Hpl1. rewrite insert_id by done. split_and!; try done; exact Hi. }
  destruct Hmid as (w2 & p2 & x2 & Heq & Hl2 & Hi2 & Hp2 & Hdu2 & Hx2 & He2 & Hq2 & Hs2 & Hu2 & Hsome2).
  destruct (dequeue_spec _ _ w2 c (cs_entry s1) x2 Hl2 Hx2 ltac:(apply lookup_insert_eq)) as (e' & Hc' & Hl').
  rewrite delete_insert_eq in Hl'. unfold choke_unqueue. fold w1. rewrite Heq. res_simpl.
  rewrite (queue_of_ok c w2 p2 x2) by (by rewrite ?Hp2, ?lookup_insert_eq, ?He2). res_simpl.
  rewrite (on_entry_ok _ _ w2 x2 e') by (by rewrite <- ?He). res_simpl.
  rewrite He in *. eexists _, p2. split_and!; [done|done| |done..|].
  - by apply (unqueued_info _ c w2 x2).
  - intros d Hd. by apply set_entry_some, Hsome2.
Qed.

(** *** The calls keep the invariant *)

Lemma update_status_const c f w p : w_peers w !! c = Some p ->
  update_status c f w = update_status c (fun _ => f (pc_choke p)) w.
Proof.
  intros Hp. unfold update_status, update_peer. rewrite !(alter_lookup _ _ _ _ Hp). done.
Qed.

Lemma update_status_inv k w c p f : world_inv k w -> w_peers w !! c = Some p ->
  place_of (f (pc_choke p)) = place_of (pc_choke p) -> cs_entry (f (pc_choke p)) = cs_entry (pc_choke p) ->
  peer_ok (set_choke (f (pc_choke p)) p) -> world_inv k (update_status c f w).
Proof. intros Hw Hp Hpl He Hok. unfold update_status. by apply (update_peer_inv _ _ _ p). Qed.

(** A connection that is not listed comes onto the list, and is unchoked when
    there is room. *)
Lemma enlist_unchoke w c p x s : world_ok w -> w_peers w !! c = Some p -> place_of (pc_choke p) = None ->
  w_downloads w !! cs_entry (pc_choke p) = Some x -> place_of s = Some (cs_entry (pc_choke p), false) ->
  cs_entry s = cs_entry (pc_choke p) -> peer_ok (set_choke s p) ->
  exists w', (q ← queue_of c (update_status c (fun _ => s) w);
              w ← on_entry (cs_entry (pc_choke p)) (fun e => connection_queued e c) (update_status c (fun _ => s) w);
              let w := update_queue q (modify_currently_queued 1) w in
              unchoke_if_room is_up env c (pc_choke p) q w) = Ok w' /\ world_ok w'.
Proof.
  intros Hw Hp Hpl Hx Hs He Hok.
  destruct (enlist_spec 0 w c p x s Hw Hp Hpl Hx Hs He Hok) as (e' & Hc & Hw1). rewrite He in Hw1.
  assert (Hp1 : w_peers (update_status c (fun _ => s) w) !! c = Some (set_choke s p)).
  { rewrite (update_status_peers c (fun _ => s) w p Hp). apply lookup_insert_eq. }
  rewrite (queue_of_ok c _ (set_choke s p) x Hp1) by (cbn; by rewrite He). res_simpl.
  rewrite (on_entry_ok _ _ (update_status c (fun _ => s) w) x e') by done. res_simpl.
  apply (unchoke_if_room_spec _ c (set_choke s p) (Download (dl_group x) e' (dl_unchoked x))); [done|done|cbn; by rewrite He|].
  cbn [set_choke pc_choke]. rewrite He. change (w_downloads (update_queue _ _ ?w)) with (w_downloads w).
  rewrite (set_entry_downloads _ _ _ x) by done. apply lookup_insert_eq.
Qed.

Lemma set_queued_ok w c p : world_ok w -> w_peers w !! c = Some p -> (is_up = false -> pc_down_unchoked p = true) ->
  exists w', set_queued is_up env c w = Ok w' /\ world_ok w'.
Proof.
  intros Hw Hp Hdu. destruct (wi_peers _ _ Hw _ _ Hp) as [[Hok1 Hok2] [x Hx]].
  unfold set_queued. rewrite Hp. res_simpl.
  destruct (cs_queued (pc_choke p)) eqn:Hq; [by exists w|]. destruct (cs_unchoked (pc_choke p)) eqn:Hu; [by exists w|]. cbn [orb].
  assert (Hok : peer_ok (set_choke (set_cs_queued true (pc_choke p)) p)).
  { unfold peer_ok. cbn. rewrite Hu. split; [done|]. auto. }
  destruct (cs_snubbed (pc_choke p)) eqn:Hs.
  - eexists; split; [done|]. eapply update_status_inv; [done|done| |done|done].
    unfold place_of. cbn. by rewrite Hu, Hs, andb_false_r.
  - rewrite (update_status_const c _ w p Hp). apply (enlist_unchoke w c p x); try done.
    + unfold place_of. by rewrite Hu, Hq.
    + unfold place_of. cbn. by rewrite Hu, Hs.
Qed.

Lemma set_not_snubbed_ok w c p : world_ok w -> w_peers w !! c = Some p ->
  exists w', set_not_snubbed is_up env c w = Ok w' /\ world_ok w'.
Proof.
  intros Hw Hp. destruct (wi_peers _ _ Hw _ _ Hp) as [[Hok1 Hok2] [x Hx]].
  unfold set_not_snubbed. rewrite Hp. res_simpl.
  destruct (cs_snubbed (pc_choke p)) eqn:Hs; cbn [negb]; [|by exists w].
  destruct (cs_unchoked (pc_choke p)) eqn:Hu; [by destruct (Hok1 eq_refl)|].
  assert (Hok : peer_ok (set_choke (set_cs_snubbed false (pc_choke p)) p)).
  { unfold peer_ok. cbn. by rewrite Hu. }
  destruct (cs_queued (pc_choke p)) eqn:Hq; cbn [negb].
  - res_simpl. rewrite (update_status_const c _ w p Hp). apply (enlist_unchoke w c p x); try done.
    + unfold place_of. by rewrite Hu, Hs, andb_false_r.
    + unfold place_of. cbn. by rewrite Hu, Hq.
  - eexists; split; [done|]. eapply update_status_inv; [done|done| |done|done].
    unfold place_of. cbn. by rewrite Hu, Hq.
Qed.

(** The caller may have written [m_down_unchoked] just before. *)
Lemma set_not_queued_spec w c p b : world_ok w -> w_peers w !! c = Some p ->
  exists w', set_not_queued is_up env c (update_peer c (set_down_unchoked b) w) = Ok w' /\ world_ok w'.
Proof.
  intros Hw Hp. destruct (wi_peers _ _ Hw _ _ Hp) as [[Hok1 Hok2] Hx].
  set (wb := update_peer c (set_down_unchoked b) w). set (pb := set_down_unchoked b p).
  assert (Hpb : w_peers wb = <[c := pb]> (w_peers w)) by (unfold wb, update_peer; cbn; by rewrite (alter_lookup _ _ _ _ Hp)).
  assert (Hlb : w_peers wb !! c = Some pb) by (rewrite Hpb; apply lookup_insert_eq).
  unfold set_not_queued, set_not_queued_with. rewrite Hlb. res_simpl.
  change (pc_choke pb) with (pc_choke p). destruct (cs_queued (pc_choke p)) eqn:Hq; cbn [negb].
  2:{ exists wb; split; [done|]. apply (update_peer_inv _ _ _ p); try done. unfold peer_ok. cbn. rewrite Hq. naive_solver. }
  assert (Hpp : w_peers (update_status c (set_cs_queued false) wb) = <[c := set_choke (set_cs_queued false (pc_choke p)) pb]> (w_peers w)).
  { rewrite (update_status_peers _ _ _ _ Hlb), Hpb. by rewrite insert_insert_eq. }
  destruct (cs_snubbed (pc_choke p)) eqn:Hs.
  - assert (Hu : cs_unchoked (pc_choke p) = false) by (destruct (cs_unchoked (pc_choke p)); [by destruct (Hok1 eq_refl)|done]).
    eexists; split; [done|]. eapply (world_inv_update _ _ w _ c p); [done|done|exact Hpp| |apply Hw| |done|done].
    + rewrite (places_same _ _ p); [by eapply lists_ok_ext, Hw|done|]. unfold place_of. cbn. by rewrite Hu, Hs, andb_false_r.
    + unfold peer_ok. cbn. by rewrite Hu.
  - assert (Hpl : place_of (pc_choke p) = Some (cs_entry (pc_choke p), cs_unchoked (pc_choke p))).
    { unfold place_of. rewrite Hq, Hs. by destruct (cs_unchoked (pc_choke p)). }
    assert (Hpls : places_of (w_peers wb) = places_of (w_peers w)) by (rewrite Hpb; by apply (places_same _ _ p)).
    rewrite (update_status_const c _ wb pb Hlb).
    destruct (choke_unqueue_spec wb c pb (set_cs_queued false (pc_choke pb)))
      as (w' & p' & Heq & Hl' & Hi' & Hp' & Hdu' & He' & Hq' & Hs' & Hu' & Hsome'); try done.
    { rewrite Hpls. by eapply lists_ok_ext, Hw. } { apply Hw. } { by right; right. }
    exists w'. split; [exact Heq|]. rewrite Hpb, insert_insert_eq in Hp'.
    eapply (world_inv_update _ _ w _ c p p'); [done|done|done| |done| |done|done].
    + rewrite places_insert. unfold place_of. rewrite Hu', Hq'. cbn. rewrite <- Hpls. done.
    + unfold peer_ok. rewrite Hu', Hq'. cbn. naive_solver.
Qed.

Lemma set_not_queued_ok w c p : world_ok w -> w_peers w !! c = Some p ->
  exists w', set_not_queued is_up env c w = Ok w' /\ world_ok w'.
Proof.
  intros Hw Hp. destruct (set_not_queued_spec w c p (pc_down_unchoked p) Hw Hp) as (w' & Heq & Hok). exists w'. split; [|done].
  assert (update_peer c (set_down_unchoked (pc_down_unchoked p)) w = w) as <-; [|done].
  unfold update_peer. rewrite (alter_lookup _ _ _ _ Hp), insert_id; [by destruct w|]. by destruct p.
Qed.

Lemma read_choke_ok w c p : world_ok w -> w_peers w !! c = Some p ->
  exists w', read_choke is_up env c w = Ok w' /\ world_ok w'.
Proof. intros Hw Hp. by apply (set_not_queued_spec w c p false). Qed.

Lemma read_unchoke_ok w c p : world_ok w -> w_peers w !! c = Some p ->
  exists w', read_unchoke is_up env c w = Ok w' /\ world_ok w'.
Proof.
  intros Hw Hp. destruct (wi_peers _ _ Hw _ _ Hp) as [[Hok1 Hok2] Hx]. unfold read_unchoke.
  assert (Hp1 : w_peers (update_peer c (set_down_unchoked true) w) !! c = Some (set_down_unchoked true p)).
  { unfold update_peer. cbn. by rewrite lookup_alter_eq, Hp. }
  assert (Hw1 : world_ok (update_peer c (set_down_unchoked true) w)).
  { apply (update_peer_inv _ _ _ p); try done. }
  rewrite Hp1. res_simpl. destruct (pc_down_interested (set_down_unchoked true p)); cbn [negb]; [|by eexists].
  by apply (set_queued_ok _ _ _ Hw1 Hp1).
Qed.

Lemma set_snubbed_ok w c p : world_ok w -> w_peers w !! c = Some p ->
  exists w', set_snubbed is_up env c w = Ok w' /\ world_ok w'.
Proof.
  intros Hw Hp. destruct (wi_peers _ _ Hw _ _ Hp) as [[Hok1 Hok2] Hx].
  unfold set_snubbed. rewrite Hp. res_simpl. destruct (cs_snubbed (pc_choke p)) eqn:Hs; [by exists w|].
  destruct (cs_queued (pc_choke p)) eqn:Hq.
  2:{ assert (Hu : cs_unchoked (pc_choke p) = false) by (destruct (cs_unchoked (pc_choke p)); [by destruct (Hok1 eq_refl)|done]).
      rewrite Hu. cbn [negb andb]. eexists; split; [done|]. eapply update_status_inv; [done|done| |done|].
      - unfold place_of. cbn. by rewrite Hu, Hq.
      - unfold peer_ok. cbn. rewrite Hu, Hq. done. }
  rewrite andb_false_r. rewrite (update_status_const c _ w p Hp).
  assert (Hpl : place_of (pc_choke p) = Some (cs_entry (pc_choke p), cs_unchoked (pc_choke p))).
  { unfold place_of. rewrite Hq, Hs. by destruct (cs_unchoked (pc_choke p)). }
  destruct (choke_unqueue_spec w c p (set_cs_snubbed true (pc_choke p)))
    as (w' & p' & Heq & Hl' & Hi' & Hp' & Hdu' & He' & Hq' & Hs' & Hu' & Hsome'); try done; [apply Hw|apply Hw| |].
  { destruct is_up eqn:E; [by left|]. right; left. by apply Hok2. }
  rewrite Heq. res_simpl. eexists; split; [done|].
  assert (Hlp : w_peers w' !! c = Some p') by (rewrite Hp'; apply lookup_insert_eq).
  assert (Hpp : w_peers (update_status c (set_cs_queued false) w') = <[c := set_choke (set_cs_queued false (pc_choke p')) p']> (w_peers w)).
  { rewrite (update_status_peers _ _ _ _ Hlp), Hp'. by rewrite insert_insert_eq. }
  eapply (world_inv_update _ _ w _ c p); [done|done|exact Hpp| |exact Hi'| |exact Hsome'|done].
  - rewrite places_insert. unfold place_of. cbn. rewrite Hu'. by eapply lists_ok_ext, Hl'.
  - unfold peer_ok. cbn. by rewrite Hu'.
Qed.

Lemma connect_ok w c d b : world_ok w -> w_peers w !! c = None -> is_Some (w_downloads w !! d) ->
  Z.of_nat (size (w_peers w)) + 1 < 2 ^ 30 -> world_ok (connect c d b w).
Proof.
  intros [Hl Hi Hpe Hf] Hc Hd Hfew. constructor.
  - cbn [connect set_peers w_peers]. rewrite places_insert. cbn.
    rewrite delete_id by (rewrite places_lookup, Hc; done). by eapply lists_ok_ext, Hl.
  - done.
  - intros a p. cbn [connect set_peers w_peers]. destruct (decide (a = c)) as [->|].
    + rewrite lookup_insert_eq. intros [= <-]. done.
    + rewrite lookup_insert_ne by done. apply Hpe.
  - cbn [connect set_peers w_peers]. rewrite map_size_insert_None by done. lia.
Qed.

Lemma places_delete peers c : places_of (delete c peers) = delete c (places_of peers).
Proof. apply omap_delete. Qed.

Lemma world_inv_delete w w' c p : world_ok w -> w_peers w !! c = Some p ->
  w_peers w' = delete c (w_peers w) -> lists_ok 0 (delete c (places_of (w_peers w))) w' -> info_ok w' ->
  (forall e, is_Some (w_downloads w !! e) -> is_Some (w_downloads w' !! e)) -> world_ok w'.
Proof.
  intros [Hl Hi Hpe Hf] Hp Hp' Hl' Hi' Hsome. constructor; [by rewrite Hp', places_delete|done| |].
  - intros a pa. rewrite Hp'. intros [_ Ha]%lookup_delete_Some. destruct (Hpe _ _ Ha). auto.
  - rewrite Hp', map_size_delete_Some by (by rewrite Hp; eauto). lia.
Qed.

(** The counter of the download, and then the lists. *)
Lemma update_info_downloads d n w x : w_downloads w !! d = Some x -> 0 <= dl_unchoked x + n < 2 ^ 32 ->
  w_downloads (update_info d n w) = <[d := Download (dl_group x) (dl_entry x) (dl_unchoked x + n)]> (w_downloads w).
Proof. intros Hx Hn. unfold update_info. cbn. by rewrite (alter_lookup _ _ _ _ Hx), u32_small by lia. Qed.

Lemma update_info_lists k pl w d n x : lists_ok k pl w -> w_downloads w !! d = Some x -> lists_ok k pl (update_info d n w).
Proof.
  intros Hl Hx. destruct (lists_queue _ _ _ _ _ Hl Hx) as (cq & Hcq & _).
  eapply (lists_replace k k pl pl w _ d x (dl_entry x) _ cq 0 0 Hl Hx Hcq); try (cbn; lia).
  - unfold update_info. cbn. by rewrite (alter_lookup _ _ _ _ Hx).
  - rewrite !Z.add_0_r, set_counts_id, list_insert_id by done. done.
  - by apply (entry_ok_new _ (w_queues w)), (lo_entry _ _ _ Hl).
  - done.
  - apply (lo_few _ _ _ Hl).
  - apply (lo_current _ _ _ Hl).
Qed.

Lemma unchoked_count_pos k pl w c d x : lists_ok k pl w -> w_downloads w !! d = Some x -> pl !! c = Some (d, true) ->
  1 <= zlen (ge_unchoked (dl_entry x)) /\ 1 <= zsum cq_currently_unchoked (w_queues w).
Proof.
  intros Hl Hx Hc. apply (eo_unchoked _ _ _ _ (lo_entry _ _ _ Hl _ _ Hx)) in Hc.
  assert (H1 : 1 <= zlen (ge_unchoked (dl_entry x))).
  { unfold ids, zlen in *. destruct (ge_unchoked (dl_entry x)); [by apply elem_of_nil in Hc|]. cbn [length]. lia. }
  split; [done|]. destruct (lists_queue _ _ _ _ _ Hl Hx) as (cq & Hcq & _).
  pose proof (proj2 (entry_counts _ _ _ _ _ _ Hl Hx Hcq)).
  assert (cq_currently_unchoked cq <= zsum cq_currently_unchoked (w_queues w)); [|lia].
  apply (zsum_elem_le _ _ (dl_group x)); [|done]. intros b (i & Hi)%list_elem_of_lookup.
  apply (queue_counts_nonneg _ _ _ (lo_queue _ _ _ Hl _ _ Hi)).
Qed.

Lemma update_info_some d n w e x : w_downloads w !! d = Some x -> is_Some (w_downloads w !! e) ->
  is_Some (w_downloads (update_info d n w) !! e).
Proof.
  intros Hx He. unfold update_info. cbn. rewrite (alter_lookup _ _ _ _ Hx). destruct (decide (e = d)) as [->|];
    [by rewrite lookup_insert_eq|by rewrite lookup_insert_ne].
Qed.

Lemma update_info_zero k pl d w x : lists_ok k pl w -> info_ok w -> w_downloads w !! d = Some x -> info_ok (update_info d (- b2z false) w).
Proof.
  intros Hl Hi Hx d1 x1 Hd1. pose proof (Hi _ _ Hx) as Hn. unfold update_info in Hd1. cbn in Hd1.
  rewrite (alter_lookup _ _ _ _ Hx) in Hd1. destruct (decide (d1 = d)) as [->|].
  - rewrite lookup_insert_eq in Hd1. simplify_eq. cbn. rewrite Hn, Z.add_0_r, u32_small; [done|].
    pose proof (entry_lengths _ _ _ _ _ Hl Hx). pose proof (lo_few _ _ _ Hl). lia.
  - rewrite lookup_insert_ne in Hd1 by done. by apply (Hi d1).
Qed.

(** The end of [cleanup]: the connection is on no list, and goes. *)
Lemma cleanup_finish w c p : world_ok w -> w_peers w !! c = Some p -> forall w2,
  w_peers w2 = w_peers w -> lists_ok 0 (delete c (places_of (w_peers w))) w2 -> info_ok w2 ->
  (forall e, is_Some (w_downloads w !! e) -> is_Some (w_downloads w2 !! e)) ->
  exists w', Ok (set_peers (delete c (w_peers (update_status c (set_cs_queued false) w2))) (update_status c (set_cs_queued false) w2)) = Ok w'
    /\ world_ok w' /\ w_peers w' = delete c (w_peers w).
Proof.
  intros Hw Hp w2 Hp2 Hl2 Hi2 Hs2. eexists; split; [done|].
  assert (Hp3 : w_peers (set_peers (delete c (w_peers (update_status c (set_cs_queued false) w2))) (update_status c (set_cs_queued false) w2))
                = delete c (w_peers w)).
  { cbn. rewrite Hp2, (alter_lookup _ _ _ _ Hp). apply delete_insert_eq. }
  split; [|done]. eapply (world_inv_delete w _ c p); [done|done|done|by eapply lists_ok_ext, Hl2|exact Hi2|exact Hs2].
Qed.

Lemma cleanup_ok w c p : world_ok w -> w_peers w !! c = Some p ->
  exists w', cleanup c w = Ok w' /\ world_ok w' /\ w_peers w' = delete c (w_peers w).
Proof.
  intros Hw Hp. pose proof (wi_lists _ _ Hw) as Hl. destruct (wi_peers _ _ Hw _ _ Hp) as [[Hok1 Hok2] [x Hx]].
  set (d := cs_entry (pc_choke p)) in *.
  unfold cleanup. rewrite Hp. res_simpl. fold d. set (n := - b2z (cs_unchoked (pc_choke p))).
  assert (Hl1 := update_info_lists _ _ _ d n x Hl Hx). set (w1 := update_info d n w) in *.
  assert (Hpl : places_of (w_peers w) !! c = place_of (pc_choke p)) by (rewrite places_lookup, Hp; done).
  assert (Hlen : 0 <= dl_unchoked x + n < 2 ^ 32).
  { rewrite (wi_info _ _ Hw _ _ Hx). pose proof (entry_lengths _ _ _ _ _ Hl Hx). pose proof (lo_few _ _ _ Hl).
    unfold n. destruct (cs_unchoked (pc_choke p)) eqn:E; cbn; [|lia].
    destruct (unchoked_count_pos _ _ _ c d x Hl Hx); [|lia]. rewrite Hpl. unfold place_of. by rewrite E. }
  assert (Hx1 : w_downloads w1 !! d = Some (Download (dl_group x) (dl_entry x) (dl_unchoked x + n))).
  { unfold w1. rewrite (update_info_downloads _ _ _ x) by done. apply lookup_insert_eq. }
  unfold disconnected. change (w_peers w1 !! c) with (w_peers w !! c). rewrite Hp. res_simpl.
  rewrite (queue_of_ok c w1 p _ Hp Hx1). res_simpl. cbn [dl_group].
  assert (Hfin := cleanup_finish w c p Hw Hp).
  assert (Hs1 : forall e, is_Some (w_downloads w !! e) -> is_Some (w_downloads w1 !! e)) by (intros; by apply (update_info_some _ _ _ _ x)).
  destruct (cs_unchoked (pc_choke p)) eqn:Hu.
  - destruct (Hok1 eq_refl) as [_ ->].
    assert (Hc : places_of (w_peers w) !! c = Some (d, true)) by (rewrite Hpl; unfold place_of; by rewrite Hu).
    destruct (unchoked_count_pos _ _ _ c d _ Hl1 Hx1 Hc) as [_ Hpos]. pose proof (lo_total _ _ _ Hl1). pose proof (lo_current _ _ _ Hl1).
    destruct (slot_unchoke_spec _ _ w1 (-1) Hl1 ltac:(lia)) as [-> Hl2]. res_simpl.
    set (w2 := set_currently (w_currently w1 + -1) w1) in *.
    destruct (drop_spec _ _ w2 c d _ Hl2 Hx1 Hc) as (e' & Hc' & Hlen' & Hl3).
    rewrite (on_entry_ok _ _ w2 _ e' Hx1 Hc'). res_simpl. apply Hfin; [done|done| |].
    + intros d1 x1 Hd1. change (w_downloads (set_entry d e' w2) !! d1 = Some x1) in Hd1. revert Hd1.
      rewrite (set_entry_downloads d e' w2 _ Hx1). destruct (decide (d1 = d)) as [->|].
      * rewrite lookup_insert_eq. intros [= <-]. cbn. rewrite Hlen', (wi_info _ _ Hw _ _ Hx). unfold n. cbn. lia.
      * rewrite lookup_insert_ne by done. change (w_downloads w2) with (w_downloads w1). unfold w1.
        rewrite (update_info_downloads _ _ _ x), lookup_insert_ne by done. apply (wi_info _ _ Hw d1).
    + intros e He. apply set_entry_some. by apply Hs1.
  - assert (Hi1 : info_ok w1) by (apply (update_info_zero 0 _ _ _ x Hl); [apply Hw|done]).
    destruct (cs_snubbed (pc_choke p)) eqn:Hs; [|destruct (cs_queued (pc_choke p)) eqn:Hq].
    + res_simpl. apply Hfin; [done| |done|done].
      rewrite delete_id; [done|]. rewrite Hpl. unfold place_of. by rewrite Hu, Hs, andb_false_r.
    + assert (Hc : places_of (w_peers w) !! c = Some (d, false)) by (rewrite Hpl; unfold place_of; by rewrite Hu, Hq, Hs).
      destruct (dequeue_spec _ _ w1 c d _ Hl1 Hx1 Hc) as (e' & Hc' & Hl3).
      rewrite (on_entry_ok _ _ w1 _ e' Hx1 Hc'). res_simpl. apply Hfin; [done|done| |].
      * by apply (unqueued_info d c w1 _ e' Hi1 Hx1).
      * intros e He. apply set_entry_some. by apply Hs1.
    + res_simpl. apply Hfin; [done| |done|done].
      rewrite delete_id; [done|]. rewrite Hpl. unfold place_of. by rewrite Hu, Hq.
Qed.

(** *** What balancing may change *)

(** Everything of a queue but its counts. *)
Definition static (cq : choke_queue) : Z * heuristics_enum * Z * list nat :=
  (cq_flags cq, cq_heuristics cq, cq_max_unchoked cq, cq_group_container cq).

Definition limits (x : download) : nat * Z * Z := (dl_group x, ge_max_slots (dl_entry x), ge_min_slots (dl_entry x)).

(** Only the lists and the counts of queue [q] and of its downloads. *)
Record evolves (q : nat) (w w' : world) : Prop := {
  ev_other : forall q', q' <> q -> w_queues w' !! q' = w_queues w !! q';
  ev_queue : forall cq, w_queues w !! q = Some cq -> exists cq', w_queues w' !! q = Some cq' /\ static cq' = static cq;
  ev_download : forall d x, w_downloads w !! d = Some x -> exists x', w_downloads w' !! d = Some x' /\ limits x' = limits x
    /\ (dl_group x <> q -> x' = x);
  ev_currently : w_currently w' = w_currently w;
  ev_max : w_max w' = w_max w;
}.

Lemma evolves_refl q w : evolves q w w.
Proof. constructor; eauto. Qed.

Lemma evolves_trans q w1 w2 w3 : evolves q w1 w2 -> evolves q w2 w3 -> evolves q w1 w3.
Proof.
  intros [Ho1 Hq1 Hd1 Hc1 Hm1] [Ho2 Hq2 Hd2 Hc2 Hm2]. constructor; [..|congruence|congruence].
  - intros q' Hne. rewrite Ho2, Ho1 by done. done.
  - intros cq Hcq. destruct (Hq1 _ Hcq) as (cq1 & Hcq1 & Hs1). destruct (Hq2 _ Hcq1) as (cq2 & Hcq2 & Hs2).
    exists cq2. split; [done|congruence].
  - intros d x Hx. destruct (Hd1 _ _ Hx) as (x1 & Hx1 & Hl1 & Hs1). destruct (Hd2 _ _ Hx1) as (x2 & Hx2 & Hl2 & Hs2).
    exists x2. split_and!; [done|congruence|]. intros Hne. assert (dl_group x1 = dl_group x) by (unfold limits in Hl1; congruence).
    rewrite Hs2, Hs1 by congruence. done.
Qed.

Lemma moved_evolves choke c d x w w' : w_downloads w !! d = Some x -> moved choke c d x w w' -> evolves (dl_group x) w w'.
Proof.
  intros Hx [(e' & He' & Hdl) (cq & Hcq & Hqs) Hc Hm _]. constructor; try done.
  - intros q' Hne. rewrite Hqs, list_lookup_insert_ne by done. done.
  - intros cq0 Hcq0. assert (cq0 = cq) as -> by congruence. eexists. rewrite Hqs, list_lookup_insert_eq by (by apply lookup_lt_Some in Hcq).
    split; [done|]. done.
  - intros d1 x1 Hx1. rewrite Hdl. destruct (decide (d1 = d)) as [->|].
    + assert (x1 = x) as -> by congruence. rewrite lookup_insert_eq. eexists; split_and!; [done| |done].
      unfold limits. cbn. destruct choke; destruct He' as (-> & -> & _); done.
    + rewrite lookup_insert_ne by done. eauto.
Qed.

(** The counts of the other queues stand, so the debt is the change of the
    count of this one. *)
Lemma insert_zsum_delta (l l' : list choke_queue) q cq cq' : l !! q = Some cq -> l' !! q = Some cq' ->
  (forall q', q' <> q -> l' !! q' = l !! q') ->
  zsum cq_currently_unchoked l' - zsum cq_currently_unchoked l = cq_currently_unchoked cq' - cq_currently_unchoked cq.
Proof.
  intros Hq Hq' Ho. assert (l' = <[q := cq']> l) as ->.
  { apply list_eq. intros i. destruct (decide (i = q)) as [->|].
    - rewrite list_lookup_insert_eq by (by apply lookup_lt_Some in Hq). done.
    - rewrite list_lookup_insert_ne by done. by apply Ho. }
  rewrite (zsum_insert _ _ _ cq) by done. lia.
Qed.

Lemma evolves_count k k' q w w' cq cq' : world_inv k w -> world_inv k' w' -> evolves q w w' ->
  w_queues w !! q = Some cq -> w_queues w' !! q = Some cq' -> cq_currently_unchoked cq' - cq_currently_unchoked cq = k' - k.
Proof.
  intros Hw Hw' Hev Hq Hq'. rewrite <- (insert_zsum_delta _ _ _ _ _ Hq Hq' (ev_other _ _ _ Hev)).
  pose proof (lo_total _ _ _ (wi_lists _ _ Hw)). pose proof (lo_total _ _ _ (wi_lists _ _ Hw')).
  pose proof (ev_currently _ _ _ Hev). lia.
Qed.

(** *** Weights *)

Definition weight_fn (f : nat -> world -> Z * world) : Prop :=
  forall c w, is_u32 (fst (f c w)) /\ exists n, snd (f c w) = set_random n w.

Lemma set_random_id w : set_random (w_random w) w = w.
Proof. by destruct w. Qed.

Lemma heuristics_ok hs h : m_heuristics_list is_up env hs = Some h ->
  weight_fn (slot_choke_weight h) /\ weight_fn (slot_unchoke_weight h)
  /\ (length (h_choke_weight h) = order_max_size /\ Forall (fun w => 0 < w < 2 ^ 16) (h_choke_weight h))
  /\ (length (h_unchoke_weight h) = order_max_size /\ Forall (fun w => 0 < w < 2 ^ 16) (h_unchoke_weight h)).
Proof.
  assert (Hu : forall z, is_u32 (u32 z)) by (intros; apply u32_range).
  destruct hs; intros [= <-]; cbn [slot_choke_weight slot_unchoke_weight h_choke_weight h_unchoke_weight]; split_and!;
    try done; try (repeat constructor; done); intros c w; cbn;
    unfold calculate_upload_choke, calculate_upload_unchoke, calculate_upload_choke_seed, calculate_upload_unchoke_seed,
      calculate_choke_upload_leech_experimental, calculate_unchoke_upload_leech_experimental, calculate_download_choke,
      calculate_download_unchoke, draw;
    repeat match goal with |- context [if ?b then (_, _) else _] => destruct b end; cbn [fst snd]; (split; [first [apply Hu|unfold is_u32, order_base; lia]|]);
    first [by eexists|exists (w_random w); by rewrite set_random_id].
Qed.

Lemma weigh_spec f l w : weight_fn f -> exists l' n, weigh f l w = (l', set_random n w) /\ ids l' = ids l /\ u32_weights l'.
Proof.
  intros Hf. revert w. induction l as [|v l IH]; intros w; cbn [weigh].
  - exists [], (w_random w). rewrite set_random_id. split_and!; [done|done|constructor].
  - destruct (Hf (wc_connection v) w) as [Hu [n Hn]]. destruct (f (wc_connection v) w) as [z w1]. cbn in *. subst w1.
    destruct (IH (set_random n w)) as (l' & n' & Heq & Hids & Hw'). rewrite Heq.
    exists (WC (wc_connection v) z :: l'), n'. split_and!; [done|unfold ids in *; cbn; by rewrite Hids|by constructor].
Qed.

(** The connections of an entry, in another order and with other weights. *)
Definition same_ids (e e' : group_entry) : Prop :=
  ge_max_slots e' = ge_max_slots e /\ ge_min_slots e' = ge_min_slots e
  /\ Permutation (ids (ge_queued e')) (ids (ge_queued e)) /\ Permutation (ids (ge_unchoked e')) (ids (ge_unchoked e)).

Lemma sort_ids l : Permutation (ids (sort_by wc_weight l)) (ids l).
Proof. unfold ids. by rewrite sort_by_perm. Qed.

Lemma sort_weights l : u32_weights l -> u32_weights (sort_by wc_weight l).
Proof. unfold u32_weights. by rewrite sort_by_perm. Qed.

Lemma ids_length l l' : Permutation (ids l) (ids l') -> zlen l = zlen l'.
Proof. intros Hp%Permutation_length. unfold ids, zlen in *. rewrite !length_fmap in Hp. lia. Qed.

Lemma world_inv_lists k k' w w' : world_inv k w -> w_peers w' = w_peers w -> lists_ok k' (places_of (w_peers w)) w' -> info_ok w' ->
  (forall e, is_Some (w_downloads w !! e) -> is_Some (w_downloads w' !! e)) -> world_inv k' w'.
Proof.
  intros [Hl Hi Hpe Hf] Hp Hl' Hi' Hs. constructor; rewrite ?Hp; try done. intros c p Hc. destruct (Hpe _ _ Hc). auto.
Qed.

Lemma weigh_entry_ok k h hs w d x : world_inv k w -> m_heuristics_list is_up env hs = Some h -> w_downloads w !! d = Some x ->
  exists w' e', weigh_entry h d w = Ok w' /\ world_inv k w' /\ w_peers w' = w_peers w
    /\ w_downloads w' = <[d := Download (dl_group x) e' (dl_unchoked x)]> (w_downloads w) /\ same_ids (dl_entry x) e'
    /\ evolves (dl_group x) w w' /\ w_queues w' = w_queues w.
Proof.
  intros Hw Hh Hx. destruct (heuristics_ok _ _ Hh) as (Hf1 & Hf2 & _ & _). unfold weigh_entry. rewrite Hx. res_simpl.
  destruct (weigh_spec _ (ge_unchoked (dl_entry x)) w Hf1) as (lu & n1 & -> & Hu & Hwu).
  destruct (weigh_spec _ (ge_queued (dl_entry x)) (set_random n1 w) Hf2) as (lq & n2 & -> & Hq & Hwq).
  set (e' := GE _ _ _ _). pose proof (wi_lists _ _ Hw) as Hl. destruct (lists_queue _ _ _ _ _ Hl Hx) as (cq & Hcq & _).
  assert (Hpq : Permutation (ids (ge_queued e')) (ids (ge_queued (dl_entry x)))) by (cbn; by rewrite sort_ids, Hq).
  assert (Hpu : Permutation (ids (ge_unchoked e')) (ids (ge_unchoked (dl_entry x)))) by (cbn; by rewrite sort_ids, Hu).
  assert (Hd' : w_downloads (set_entry d e' (set_random n2 (set_random n1 w)))
                = <[d := Download (dl_group x) e' (dl_unchoked x)]> (w_downloads w))
    by (exact (set_entry_downloads d e' (set_random n2 (set_random n1 w)) x Hx)).
  exists (set_entry d e' (set_random n2 (set_random n1 w))), e'. split_and!; try done.
  - apply (world_inv_lists k k w); try done.
    + eapply (lists_replace k k _ _ w _ d x e' _ cq 0 0 Hl Hx Hcq Hd').
      * rewrite !Z.add_0_r, set_counts_id, list_insert_id by done. done.
      * rewrite (ids_length _ _ Hpq). lia.
      * rewrite (ids_length _ _ Hpu). lia.
      * destruct (lo_entry _ _ _ Hl _ _ Hx) as [Hqn Hun Hiq Hiu _ _ Hmx Hmn _].
        constructor; [by rewrite Hpq|by rewrite Hpu|intros c; by rewrite Hpq|intros c; by rewrite Hpu|by apply sort_weights..|done|done].
      * done.
      * lia.
      * apply (lo_few _ _ _ Hl).
      * cbn. lia.
      * apply (lo_current _ _ _ Hl).
    + apply (set_entry_info d e' (set_random n2 (set_random n1 w)) x); [apply Hw|done|by apply ids_length].
    + intros e He. by apply set_entry_some.
  - constructor; try done; [eauto|]. intros d1 x1 Hx1. rewrite Hd'. destruct (decide (d1 = d)) as [->|].
    + rewrite lookup_insert_eq. assert (x1 = x) as -> by congruence. eexists; split_and!; done.
    + rewrite lookup_insert_ne by done. eauto.
Qed.

(** *** Choking a range *)

(** A connection listed, as unchoked or as queued, by a download of queue [q]. *)
Definition listed (q : nat) (b : bool) (w : world) (c : nat) : Prop :=
  exists d x, places_of (w_peers w) !! c = Some (d, b) /\ w_downloads w !! d = Some x /\ dl_group x = q.

Lemma listed_frame q b w w' c : listed q b w c -> evolves q w w' -> w_peers w' !! c = w_peers w !! c -> listed q b w' c.
Proof.
  intros (d & x & Hc & Hx & Hq) Hev Hp. destruct (ev_download _ _ _ Hev _ _ Hx) as (x' & Hx' & Hl & _).
  exists d, x'. split_and!; [|done|unfold limits in Hl; congruence]. rewrite places_lookup in *. by rewrite Hp.
Qed.

Lemma place_of_entry s d b : place_of s = Some (d, b) -> d = cs_entry s.
Proof. unfold place_of. destruct (cs_unchoked s), (cs_queued s), (cs_snubbed s); cbn; naive_solver. Qed.

Lemma slot_listed k q w c choke : world_inv k w -> listed q choke w c ->
  exists w', slot_connection is_up env c choke w = Ok (w', true) /\ world_inv (k + delta choke) w' /\ evolves q w w'
    /\ (forall c', c' <> c -> w_peers w' !! c' = w_peers w !! c') /\ listed q (negb choke) w' c.
Proof.
  intros Hw (d & x & Hc & Hx & Hq). rewrite places_lookup in Hc. apply bind_Some in Hc as (p & Hp & Hpl).
  pose proof (place_of_entry _ _ _ Hpl) as ->.
  destruct (slot_at_rest k w c p choke Hw Hp Hpl) as (w' & p' & x' & Hs & Hw' & Hx' & Hmv & Hp' & _ & Hpl').
  assert (x' = x) as -> by congruence. pose proof (moved_evolves _ _ _ _ _ _ Hx Hmv) as Hev. rewrite Hq in Hev.
  exists w'. split_and!; try done.
  - intros c' Hne. rewrite Hp', lookup_insert_ne by done. done.
  - destruct (ev_download _ _ _ Hev _ _ Hx) as (x'' & Hx'' & Hl & _). exists (cs_entry (pc_choke p)), x''.
    split_and!; [|done|unfold limits in Hl; congruence]. rewrite places_lookup, Hp', lookup_insert_eq. done.
Qed.

Lemma choke_range_ok k q choke l w : world_inv k w -> NoDup (ids l) -> Forall (listed q choke w) (ids l) ->
  exists w', choke_range is_up env choke l w = Ok w' /\ world_inv (k + zlen l * delta choke) w' /\ evolves q w w'
    /\ (forall c, c ∉ ids l -> w_peers w' !! c = w_peers w !! c).
Proof.
  revert k w. induction l as [|v l IH]; intros k w Hw Hnd Hall; cbn [choke_range].
  - exists w. split_and!; [done|by rewrite Z.mul_0_l, Z.add_0_r|apply evolves_refl|done].
  - unfold ids in Hnd, Hall. cbn in Hnd, Hall. apply NoDup_cons in Hnd as [Hv Hnd]. apply Forall_cons in Hall as [Hlv Hall].
    destruct (slot_listed k q w _ choke Hw Hlv) as (w1 & -> & Hw1 & Hev1 & Hf1 & _). res_simpl.
    destruct (IH _ w1 Hw1 Hnd) as (w2 & Heq & Hw2 & Hev2 & Hf2).
    { rewrite Forall_forall in Hall |- *. intros c Hc. apply (listed_frame _ _ w); [by apply Hall|done|]. apply Hf1. by intros ->. }
    exists w2. split_and!; [done| |by eapply evolves_trans|].
    + replace (k + zlen (v :: l) * delta choke) with (k + delta choke + zlen l * delta choke); [done|].
      unfold zlen. cbn [length]. destruct choke; cbn [delta]; lia.
    + intros c Hc. unfold ids in Hc. cbn in Hc. apply not_elem_of_cons in Hc as [Hne Hc]. rewrite Hf2 by done. by apply Hf1.
Qed.

Lemma ids_app l l' : ids (l ++ l') = ids l ++ ids l'.
Proof. apply fmap_app. Qed.

Lemma ids_rev l : Permutation (ids (rev l)) (ids l).
Proof. unfold ids. by rewrite <- Permutation_rev. Qed.

Lemma chain_snoc a b os o : chain a b (os ++ [o]) <-> chain a (o_lo o) os /\ (o_lo o <= o_hi o)%nat /\ o_hi o = b.
Proof.
  revert a. induction os as [|o' os IH]; intros a; cbn [chain app].
  - naive_solver.
  - rewrite IH. tauto.
Qed.

Lemma given_snoc os o : given (os ++ [o]) = given os + o_first o.
Proof. induction os as [|o' os IH]; cbn [given foldr app] in *; [lia|]. unfold given in *. lia. Qed.

Lemma chain_le a b os : chain a b os -> (a <= b)%nat.
Proof. intros Hc. by destruct (chain_room _ _ _ Hc). Qed.

(** The orders are emptied from the back: as many connections as were given. *)
Lemma adjust_orders_ok k q choke os a b src dest count w : world_inv k w -> chain a b os -> Forall order_ok os ->
  (b <= length src)%nat -> NoDup (ids (take b src)) -> Forall (listed q choke w) (ids (take b src)) ->
  0 <= count -> count + given os < 2 ^ 32 -> u32_weights src -> u32_weights dest ->
  exists src' mv w', adjust_orders is_up env choke (rev os) src dest count 0 w = Ok (src', dest ++ mv, count + given os, w')
    /\ world_inv (k + given os * delta choke) w' /\ evolves q w w' /\ zlen mv = given os /\ zlen src' = zlen src - given os
    /\ u32_weights src' /\ u32_weights mv
    /\ (forall c, c ∉ ids (take b src) -> w_peers w' !! c = w_peers w !! c).
Proof.
  revert k b src dest count w. induction os as [|o os IH] using rev_ind;
    intros k b src dest count w Hw Hch Hos Hb Hnd Hlst Hc0 Hc1 Hus Hud.
  - exists src, [], w. cbn. rewrite app_nil_r, Z.add_0_r. rewrite Z.sub_0_r, Z.add_0_r. split_and!; try done; [apply evolves_refl|constructor].
  - rewrite rev_app_distr. cbn [rev app adjust_orders]. rewrite given_snoc in *.
    apply chain_snoc in Hch as (Hch & Hle & Hhi). apply Forall_app in Hos as [Hos Ho]. apply Forall_cons in Ho as [Ho _].
    pose proof (given_le_room os Hos) as Hg0. pose proof Ho as (_ & Hsz & _ & Hf). rewrite Hhi in *.
    rewrite (proj2 (throw_when_ok (o_size o <? o_first o) _ tt)) by (apply Z.ltb_ge; lia). res_simpl.
    rewrite (u32_small (o_size o - _)) by lia. rewrite Z.min_l by lia. rewrite Z.sub_0_r, Z.add_0_r, (u32_small (o_first o)) by lia.
    pose proof (chain_le _ _ _ Hch) as Hac. unfold o_size in Hf. rewrite Hhi in Hf.
    set (fa := Z.to_nat (Z.of_nat b - o_first o)). assert (Hfa : (o_lo o <= fa <= b)%nat /\ Z.of_nat fa = Z.of_nat b - o_first o) by (unfold fa; lia).
    rewrite (proj2 (throw_when_ok _ _ tt)).
    2:{ unfold zlen. apply negb_false_iff, andb_true_iff. split; [apply andb_true_iff; split|]; apply Z.leb_le; lia. }
    res_simpl. set (range := take (b - fa) (drop fa src)).
    assert (Hrange : take b src = take fa src ++ range).
    { unfold range. rewrite <- (take_drop fa (take b src)), take_take, skipn_firstn_comm. f_equal; f_equal; lia. }
    assert (Hrl : zlen range = o_first o) by (unfold range, zlen; rewrite length_take, length_drop; lia).
    rewrite Hrange, ids_app in Hnd.
    apply NoDup_app in Hnd as (Hn1 & Hdis & Hn2). rewrite Hrange, ids_app in Hlst. apply Forall_app in Hlst as [Hl1 Hl2].
    destruct (choke_range_ok k q choke (rev range) w) as (w1 & -> & Hw1 & Hev1 & Hfr1); [done|by rewrite ids_rev|by rewrite ids_rev|].
    res_simpl. unfold zlen in Hw1. rewrite length_rev in Hw1. fold (zlen range) in Hw1. rewrite Hrl in Hw1 |- *.
    rewrite (u32_small (count + _)) by lia.
    set (src1 := take fa src ++ drop b src).
    assert (Ht1 : take (o_lo o) src1 = take (o_lo o) (take fa src)).
    { unfold src1. rewrite take_app_le by (rewrite length_take; lia). done. }
    assert (Hids : forall c, c ∈ ids (take (o_lo o) src1) -> c ∈ ids (take fa src)).
    { rewrite Ht1. intros c. unfold ids. rewrite fmap_take. intros (i & Hi & _)%elem_of_take. by apply list_elem_of_lookup_2 in Hi. }
    destruct (IH (k + o_first o * delta choke) (o_lo o) src1 (dest ++ range) (count + o_first o) w1)
      as (src' & mv & w' & Heq & Hw' & Hev' & Hmv & Hsl & Hus' & Hum & Hfr'); try done.
    + unfold src1. rewrite length_app, length_take. lia.
    + rewrite Ht1. unfold ids. rewrite fmap_take. eapply sublist_NoDup; [apply Hn1|apply sublist_take].
    + rewrite Forall_forall in Hl1 |- *. intros c Hc%Hids. apply (listed_frame _ _ w); [by apply Hl1|done|].
      apply Hfr1. rewrite ids_rev. intros Hc2. by apply (Hdis c).
    + lia.
    + lia.
    + unfold src1. apply Forall_app. split; [by apply Forall_take|by apply Forall_drop].
    + apply Forall_app. split; [done|]. unfold range. by apply Forall_take, Forall_drop.
    + exists src', (range ++ mv), w'. rewrite Heq, <- app_assoc. split_and!; try done.
      * do 3 f_equal; lia.
      * replace (k + (given os + o_first o) * delta choke) with (k + o_first o * delta choke + given os * delta choke) by lia. done.
      * by eapply evolves_trans.
      * unfold zlen in *. rewrite length_app. lia.
      * rewrite Hsl. unfold src1, zlen in *. rewrite length_app, length_take, length_drop. lia.
      * apply Forall_app. split; [|done]. unfold range. by apply Forall_take, Forall_drop.
      * intros c Hc. rewrite Hrange, ids_app in Hc. apply not_elem_of_app in Hc as [Hc1' Hc2'].
        rewrite Hfr', Hfr1; [done|by rewrite ids_rev|]. intros Hc%Hids. done.
Qed.

(** As many as asked for, or the whole range. *)
Lemma adjust_choke_range_ok k q hs h last src dest max choke w : world_inv k w -> m_heuristics_list is_up env hs = Some h ->
  (forall n, 0 <= env_random env n) -> (last <= length src)%nat -> zlen src < 2 ^ 31 -> is_u32 max ->
  NoDup (ids (take last src)) -> Forall (listed q choke w) (ids (take last src)) -> u32_weights src -> u32_weights dest ->
  let n := Z.min max (Z.of_nat last) in
  exists src' mv w', adjust_choke_range is_up env h 0 last src dest max choke w = Ok (src', dest ++ mv, n, w')
    /\ world_inv (k + n * delta choke) w' /\ evolves q w w' /\ zlen mv = n /\ zlen src' = zlen src - n
    /\ u32_weights src' /\ u32_weights mv
    /\ (forall c, c ∉ ids (take last src) -> w_peers w' !! c = w_peers w !! c).
Proof.
  intros Hw Hh Hrnd Hlast Hlen Hmax Hnd Hlst Hus Hud n.
  destruct (heuristics_ok _ _ Hh) as (_ & _ & [Hcl Hcw] & [Hul Huw]).
  unfold adjust_choke_range. cbn [draw].
  destruct (allocate_exact (env_random env (w_random w)) src 0 last max (if choke then h_choke_weight h else h_unchoke_weight h))
    as (os & Hos & Hch & Hok & _ & Hg); try done; [lia|destruct choke; done|destruct choke; done|].
  rewrite Hos. res_simpl. rewrite Z.sub_0_r in Hg. fold n in Hg. set (w1 := set_random _ w).
  assert (Hw1 : world_inv k w1).
  { apply (world_inv_lists k k w); try done; [by eapply lists_ok_ext, Hw|apply Hw]. }
  unfold is_u32 in Hmax.
  destruct (adjust_orders_ok k q choke os 0 last src dest 0 w1) as (src' & mv & w' & Heq & Hw' & Hev & Hmv & Hsl & Hus' & Hum & Hfr);
    try done; [rewrite Hg; unfold n; lia|].
  rewrite Heq. res_simpl. rewrite Hg in *. rewrite (proj2 (throw_when_ok _ _ tt)) by (apply Z.ltb_ge; unfold n; lia). res_simpl.
  exists src', mv, w'. split_and!; try done. by destruct Hev.
Qed.

(** *** Filling and trimming an entry *)

(** Only the connections and the lists of download [d]. *)
Record only (d : nat) (w w' : world) : Prop := {
  on_peers : forall c, (forall b, places_of (w_peers w) !! c <> Some (d, b)) -> w_peers w' !! c = w_peers w !! c;
  on_places : forall c d', (exists b, places_of (w_peers w') !! c = Some (d', b)) <-> (exists b, places_of (w_peers w) !! c = Some (d', b));
  on_downloads : forall d', d' <> d -> w_downloads w' !! d' = w_downloads w !! d';
}.

Lemma only_refl d w : only d w w.
Proof. by constructor. Qed.

Lemma only_trans d w1 w2 w3 : only d w1 w2 -> only d w2 w3 -> only d w1 w3.
Proof.
  intros [Hp1 Hl1 Hd1] [Hp2 Hl2 Hd2]. constructor.
  - intros c Hc. rewrite Hp2, Hp1; [done|done|]. intros b Hb.
    destruct (proj1 (Hl1 c d) ltac:(eauto)) as [b' Hb']. by apply (Hc b').
  - intros c d'. rewrite Hl2, Hl1. done.
  - intros d' Hd'. rewrite Hd2, Hd1 by done. done.
Qed.

(** The list a choke takes from. *)
Definition from_list (choke : bool) (e : group_entry) : list weighted_connection :=
  if choke then ge_unchoked e else ge_queued e.

Lemma from_list_place k pl w d x choke c : lists_ok k pl w -> w_downloads w !! d = Some x ->
  c ∈ ids (from_list choke (dl_entry x)) <-> pl !! c = Some (d, choke).
Proof. intros Hl Hx. destruct (lo_entry _ _ _ Hl _ _ Hx). by destruct choke. Qed.

Lemma slot_entry k w d x choke c : world_inv k w -> w_downloads w !! d = Some x -> c ∈ ids (from_list choke (dl_entry x)) ->
  exists w' x', slot_connection is_up env c choke w = Ok (w', true) /\ world_inv (k + delta choke) w'
    /\ evolves (dl_group x) w w' /\ only d w w' /\ w_downloads w' !! d = Some x' /\ moved_entry choke c (dl_entry x) (dl_entry x').
Proof.
  intros Hw Hx Hin. rewrite (from_list_place _ _ _ _ _ _ _ (wi_lists _ _ Hw) Hx), places_lookup in Hin.
  apply bind_Some in Hin as (p & Hp & Hpl). pose proof (place_of_entry _ _ _ Hpl) as ->.
  destruct (slot_at_rest k w c p choke Hw Hp Hpl) as (w' & p' & x' & Hs & Hw' & Hx' & Hmv & Hp' & Hst & Hpl').
  assert (x' = x) as -> by congruence. pose proof (moved_evolves _ _ _ _ _ _ Hx Hmv) as Hev.
  destruct Hmv as [(e' & He' & Hdl) _ _ _ _].
  exists w', (Download (dl_group x) e' (dl_unchoked x + delta choke)). split_and!; try done; [|by rewrite Hdl, lookup_insert_eq].
  constructor.
  - intros c' Hc'. rewrite Hp', lookup_insert_ne; [done|]. intros <-. apply (Hc' choke). by rewrite places_lookup, Hp.
  - intros c' d'. rewrite !places_lookup, Hp'. destruct (decide (c' = c)) as [->|]; [|by rewrite lookup_insert_ne].
    rewrite lookup_insert_eq, Hp. cbn. rewrite Hpl, Hpl'. naive_solver.
  - intros d' Hne. rewrite Hdl, lookup_insert_ne by done. done.
Qed.

Lemma limits_eq x x' : limits x' = limits x ->
  dl_group x' = dl_group x /\ ge_max_slots (dl_entry x') = ge_max_slots (dl_entry x) /\ ge_min_slots (dl_entry x') = ge_min_slots (dl_entry x).
Proof. unfold limits. intros [= -> -> ->]. done. Qed.

Lemma moved_lengths k pl w d x choke c e' : lists_ok k pl w -> w_downloads w !! d = Some x ->
  c ∈ ids (from_list choke (dl_entry x)) -> moved_entry choke c (dl_entry x) e' ->
  zlen (ge_unchoked e') = zlen (ge_unchoked (dl_entry x)) + delta choke
  /\ zlen (ge_queued e') = zlen (ge_queued (dl_entry x)) - delta choke.
Proof.
  intros Hl Hx Hin Hmv. destruct (lo_entry _ _ _ Hl _ _ Hx) as [Hqn Hun _ _ _ _ _ _ _].
  destruct choke; destruct Hmv as (_ & _ & Hr & Hadd); cbn [delta from_list] in *.
  - destruct (ids_remove c _ _ Hun Hin Hr) as (_ & _ & ->). rewrite Hadd. unfold zlen. rewrite length_app. cbn. lia.
  - destruct (ids_remove c _ _ Hqn Hin Hr) as (_ & _ & ->). rewrite Hadd. unfold zlen. rewrite length_app. cbn. lia.
Qed.

Lemma last_in_ids (l : list weighted_connection) v : last l = Some v -> wc_connection v ∈ ids l.
Proof.
  intros Hv. apply last_Some in Hv as [l' ->]. rewrite ids_app. apply elem_of_app. right. by apply list_elem_of_singleton.
Qed.

(** The loop of [retrieve_connections] and [balance_entry] ends, with
    [min_slots] connections unchoked or none left to unchoke. *)
Lemma fill_min_ok fuel k w d x m count : world_inv k w -> w_downloads w !! d = Some x ->
  (length (ge_queued (dl_entry x)) <= fuel)%nat ->
  exists n w' x', fill_min is_up env fuel d m count w = Ok (count + n, w') /\ 0 <= n /\ world_inv (k + n) w'
    /\ evolves (dl_group x) w w' /\ only d w w' /\ w_downloads w' !! d = Some x'
    /\ zlen (ge_unchoked (dl_entry x')) = zlen (ge_unchoked (dl_entry x)) + n
    /\ (ge_queued (dl_entry x') = [] \/ m <= zlen (ge_unchoked (dl_entry x')))
    /\ (0 < n -> zlen (ge_unchoked (dl_entry x')) <= m).
Proof.
  revert k w x count. induction fuel as [|fuel IH]; intros k w x count Hw Hx Hfuel; cbn [fill_min]; rewrite Hx; res_simpl.
  all: destruct (last (ge_queued (dl_entry x))) as [v|] eqn:Hv.
  all: try (apply last_None in Hv; exists 0, w, x; rewrite !Z.add_0_r; split_and!; [done..|apply evolves_refl|apply only_refl|done|done|by left|lia]).
  all: destruct (Z.ltb_spec (zlen (ge_unchoked (dl_entry x))) m) as [Hlt|Hge].
  all: try (exists 0, w, x; rewrite !Z.add_0_r; split_and!; [done..|apply evolves_refl|apply only_refl|done|done|by right|lia]).
  { destruct (ge_queued (dl_entry x)); [done|cbn in Hfuel; lia]. }
  apply last_in_ids in Hv as Hin.
  destruct (slot_entry k w d x false _ Hw Hx Hin) as (w1 & x1 & -> & Hw1 & Hev1 & Hon1 & Hx1 & Hmv). res_simpl.
  destruct (moved_lengths _ _ _ _ _ false _ _ (wi_lists _ _ Hw) Hx Hin Hmv) as [Hlu Hlq]. cbn [delta] in *.
  destruct (IH (k + 1) w1 x1 (count + b2z true) Hw1 Hx1) as (n & w' & x' & Heq & Hn & Hw' & Hev' & Hon' & Hx' & Hlen & Hstop & Hub).
  { unfold zlen in *. lia. }
  exists (n + 1), w', x'. rewrite Heq. cbn [b2z]. split_and!.
  - do 2 f_equal. lia.
  - lia.
  - replace (k + (n + 1)) with (k + 1 + n) by lia. done.
  - eapply evolves_trans; [done|]. destruct (ev_download _ _ _ Hev1 _ _ Hx) as (x2 & Hx2 & Hl & _).
    assert (x2 = x1) as -> by congruence. destruct (limits_eq _ _ Hl) as [<- _]. done.
  - by eapply only_trans.
  - done.
  - lia.
  - done.
  - intros _. destruct (decide (0 < n)); [auto|]. lia.
Qed.

Lemma trim_max_ok fuel k w d x count : world_inv k w -> w_downloads w !! d = Some x ->
  (length (ge_unchoked (dl_entry x)) <= fuel)%nat ->
  exists n w' x', trim_max is_up env fuel d count w = Ok (count - n, w') /\ 0 <= n /\ world_inv (k - n) w'
    /\ evolves (dl_group x) w w' /\ only d w w' /\ w_downloads w' !! d = Some x'
    /\ zlen (ge_unchoked (dl_entry x')) <= ge_max_slots (dl_entry x).
Proof.
  revert k w x count. induction fuel as [|fuel IH]; intros k w x count Hw Hx Hfuel; cbn [trim_max]; rewrite Hx; res_simpl.
  all: pose proof (eo_max _ _ _ _ (lo_entry _ _ _ (wi_lists _ _ Hw) _ _ Hx)) as Hmax; unfold is_u32 in Hmax.
  all: destruct (last (ge_unchoked (dl_entry x))) as [v|] eqn:Hv.
  all: try (apply last_None in Hv; exists 0, w, x; rewrite !Z.sub_0_r; split_and!; [done..|apply evolves_refl|apply only_refl|done|rewrite Hv; unfold zlen; cbn; lia]).
  all: destruct (Z.ltb_spec (ge_max_slots (dl_entry x)) (zlen (ge_unchoked (dl_entry x)))) as [Hlt|Hge].
  all: try (exists 0, w, x; rewrite !Z.sub_0_r; split_and!; [done..|apply evolves_refl|apply only_refl|done|done]).
  { destruct (ge_unchoked (dl_entry x)); [done|cbn in Hfuel; lia]. }
  apply last_in_ids in Hv as Hin.
  destruct (slot_entry k w d x true _ Hw Hx Hin) as (w1 & x1 & -> & Hw1 & Hev1 & Hon1 & Hx1 & Hmv). res_simpl.
  destruct (moved_lengths _ _ _ _ _ true _ _ (wi_lists _ _ Hw) Hx Hin Hmv) as [Hlu Hlq]. cbn [delta] in *.
  destruct (IH (k + -1) w1 x1 (count - b2z true) Hw1 Hx1) as (n & w' & x' & Heq & Hn & Hw' & Hev' & Hon' & Hx' & Hlen).
  { unfold zlen in *. lia. }
  destruct (ev_download _ _ _ Hev1 _ _ Hx) as (x2 & Hx2 & Hl & _). assert (x2 = x1) as -> by congruence.
  destruct (limits_eq _ _ Hl) as (Hg & Hmx & _).
  exists (n + 1), w', x'. rewrite Heq. cbn [b2z]. split_and!; try done; try lia.
  - do 2 f_equal. lia.
  - replace (k - (n + 1)) with (k + -1 - n) by lia. done.
  - eapply evolves_trans; [done|]. by rewrite <- Hg.
  - by eapply only_trans.
Qed.

Lemma heuristics_some hs : hs <> HEURISTICS_MAX_SIZE -> exists h, m_heuristics_list is_up env hs = Some h.
Proof. destruct hs; intros; [by eexists..|done]. Qed.

(** After [balance_entry] the download is within its limits. *)
Lemma balance_entry_spec w d x : world_ok w -> w_downloads w !! d = Some x ->
  exists w' x', balance_entry is_up env (dl_group x) d w = Ok w' /\ world_ok w' /\ w_downloads w' !! d = Some x'
    /\ limits x' = limits x
    /\ zlen (ge_unchoked (dl_entry x')) <= ge_max_slots (dl_entry x)
    /\ (ge_queued (dl_entry x') = [] \/ Z.min (ge_min_slots (dl_entry x)) (ge_max_slots (dl_entry x)) <= zlen (ge_unchoked (dl_entry x'))).
Proof.
  intros Hw Hx. pose proof (wi_lists _ _ Hw) as Hl. destruct (lists_queue _ _ _ _ _ Hl Hx) as (cq & Hcq & _).
  destruct (heuristics_some (cq_heuristics cq)) as [h Hh]; [apply (lo_queue _ _ _ Hl _ _ Hcq)|].
  unfold balance_entry. rewrite Hcq. res_simpl. rewrite Hh. res_simpl.
  destruct (weigh_entry_ok 0 h _ w d x Hw Hh Hx) as (w1 & e1 & -> & Hw1 & Hp1 & Hd1 & (Hmx1 & Hmn1 & _) & Hev1 & _). res_simpl.
  set (x1 := Download (dl_group x) e1 (dl_unchoked x)) in *.
  assert (Hx1 : w_downloads w1 !! d = Some x1) by (rewrite Hd1; apply lookup_insert_eq).
  unfold trim_entry. rewrite Hx1. res_simpl.
  destruct (trim_max_ok _ 0 w1 d x1 0 Hw1 Hx1 (le_n _)) as (n & w2 & x2 & -> & Hn & Hw2 & Hev2 & Hon2 & Hx2 & Hlen2). res_simpl.
  rewrite Hx2. res_simpl. destruct (ev_download _ _ _ Hev2 _ _ Hx1) as (x2' & Hx2' & Hl2 & _). assert (x2' = x2) as -> by congruence.
  destruct (limits_eq _ _ Hl2) as (Hg2 & Hmx2 & Hmn2). cbn [dl_entry dl_group x1] in *.
  unfold fill_entry. rewrite Hx2. res_simpl.
  destruct (fill_min_ok _ (0 - n) w2 d x2 (Z.min (ge_min_slots (dl_entry x2)) (ge_max_slots (dl_entry x2))) (0 - n) Hw2 Hx2 (le_n _))
    as (n' & w3 & x3 & -> & Hn' & Hw3 & Hev3 & Hon3 & Hx3 & Hlen3 & Hstop & Hub). res_simpl.
  destruct (slot_unchoke_settles _ _ Hw3) as (w4 & -> & Hw4 & _ & Hd4 & _ & _).
  exists w4, x3. rewrite Hd4. split_and!; try done.
  - destruct (ev_download _ _ _ Hev3 _ _ Hx2) as (x3' & Hx3' & Hl3 & _). assert (x3' = x3) as -> by congruence.
    rewrite Hl3, Hl2. unfold limits. cbn. by rewrite Hmx1, Hmn1.
  - rewrite Hmx2, Hmn2, Hmx1, Hmn1 in *. destruct (decide (0 < n')); [specialize (Hub ltac:(done)); lia|lia].
  - rewrite Hmx2, Hmn2, Hmx1, Hmn1 in *. done.
Qed.

(** *** Collecting the candidates *)

Definition groups_in (q : nat) (w : world) (l : list nat) : Prop :=
  forall d, d ∈ l -> exists x, w_downloads w !! d = Some x /\ dl_group x = q.

Lemma groups_evolve q w w' l : groups_in q w l -> evolves q w w' -> groups_in q w' l.
Proof.
  intros Hg Hev d Hd. destruct (Hg d Hd) as (x & Hx & Hq). destruct (ev_download _ _ _ Hev _ _ Hx) as (x' & Hx' & Hl & _).
  exists x'. split; [done|]. destruct (limits_eq _ _ Hl). congruence.
Qed.

Lemma prepare_weights_ok k q hs h groups gs w : world_inv k w -> m_heuristics_list is_up env hs = Some h -> groups_in q w groups ->
  exists gs' w', prepare_weights h groups gs w = Ok (gs', w') /\ world_inv k w' /\ w_peers w' = w_peers w
    /\ w_queues w' = w_queues w /\ evolves q w w'
    /\ now_unchoked gs' = now_unchoked gs /\ changed_unchoked gs' = changed_unchoked gs.
Proof.
  intros Hw Hh. revert gs w Hw. induction groups as [|d groups IH]; intros gs w Hw Hg; cbn [prepare_weights].
  - exists gs, w. split_and!; try done. apply evolves_refl.
  - destruct (Hg d ltac:(left)) as (x & Hx & Hq).
    destruct (weigh_entry_ok k h hs w d x Hw Hh Hx) as (w1 & e1 & -> & Hw1 & Hp1 & Hd1 & _ & Hev1 & Hq1). res_simpl.
    rewrite Hq in Hev1. rewrite Hd1, lookup_insert_eq. res_simpl. cbn [dl_entry].
    destruct (IH (add_needed e1 gs) w1 Hw1) as (gs' & w' & -> & Hw' & Hp' & Hq' & Hev' & Hn' & Hc').
    { eapply groups_evolve; [|done]. intros d' Hd'. apply Hg. by right. }
    exists gs', w'. split_and!; try done; [congruence|congruence|by eapply evolves_trans].
Qed.

Definition min_of (dls : gmap nat download) (d : nat) : Z :=
  from_option (fun x => Z.min (ge_min_slots (dl_entry x)) (ge_max_slots (dl_entry x))) 0 (dls !! d).

(** The containers hold connections of the downloads seen so far, and the
    rest of their unchoked connections is counted in [now_unchoked]. *)
Record collected (done : list nat) (gs : group_stats) (queued unchoked : list weighted_connection) (w : world) : Prop := {
  co_now : 0 <= now_unchoked gs <= zsum (min_of (w_downloads w)) done;
  co_sum : now_unchoked gs + zlen unchoked = zsum (count_in ge_unchoked (w_downloads w)) done;
  co_queued : Forall (fun c => exists d, d ∈ done /\ places_of (w_peers w) !! c = Some (d, false)) (ids queued);
  co_unchoked : Forall (fun c => exists d, d ∈ done /\ places_of (w_peers w) !! c = Some (d, true)) (ids unchoked);
  co_queued_nodup : NoDup (ids queued);
  co_unchoked_nodup : NoDup (ids unchoked);
  co_queued_weights : u32_weights queued;
  co_unchoked_weights : u32_weights unchoked;
}.

Lemma zsum_snoc {A} (f : A -> Z) l a : zsum f (l ++ [a]) = zsum f l + f a.
Proof. rewrite zsum_app. unfold zsum at 2. cbn. lia. Qed.

Lemma drop_subset (n : nat) (l : list weighted_connection) c : c ∈ ids (drop n l) -> c ∈ ids l.
Proof. unfold ids. rewrite fmap_drop. intros Hc. rewrite <- (take_drop n (wc_connection <$> l)). apply elem_of_app. by right. Qed.

Lemma drop_nodup (n : nat) (l : list weighted_connection) : NoDup (ids l) -> NoDup (ids (drop n l)).
Proof. unfold ids. rewrite fmap_drop. intros Hnd. eapply sublist_NoDup; [done|apply sublist_drop]. Qed.

(** The connections collected from other downloads are untouched. *)
Lemma collected_only done gs queued unchoked w w' d : collected done gs queued unchoked w -> only d w w' -> d ∉ done ->
  collected done gs queued unchoked w'.
Proof.
  intros [Hn Hs Hq Hu Hqn Hun Hqw Huw] Hon Hd.
  assert (Hdl : forall d', d' ∈ done -> w_downloads w' !! d' = w_downloads w !! d').
  { intros d' Hd'. apply (on_downloads _ _ _ Hon). by intros ->. }
  assert (Hpl : forall b l, Forall (fun c => exists d, d ∈ done /\ places_of (w_peers w) !! c = Some (d, b)) l ->
                Forall (fun c => exists d, d ∈ done /\ places_of (w_peers w') !! c = Some (d, b)) l).
  { intros b l Hf. eapply Forall_impl; [exact Hf|]. cbn. intros c (d' & Hd' & Hc). exists d'. split; [done|]. rewrite places_lookup in *.
    rewrite (on_peers _ _ _ Hon); [done|]. intros b'. rewrite places_lookup, Hc. intros [= -> ->]. done. }
  constructor; auto.
  - rewrite (zsum_ext _ (min_of (w_downloads w))); [done|]. intros d' Hd'. unfold min_of. by rewrite Hdl.
  - rewrite (zsum_ext _ (count_in ge_unchoked (w_downloads w))); [done|]. intros d' Hd'. unfold count_in. by rewrite Hdl.
Qed.

(** Adding candidates of a new download. *)
Lemma add_candidates k pl w done d x b n l : lists_ok k pl w -> pl = places_of (w_peers w) -> w_downloads w !! d = Some x -> d ∉ done ->
  NoDup (ids l) -> Forall (fun c => exists d, d ∈ done /\ pl !! c = Some (d, b)) (ids l) ->
  NoDup (ids (l ++ drop n (from_list b (dl_entry x))))
  /\ Forall (fun c => exists d', d' ∈ done ++ [d] /\ pl !! c = Some (d', b)) (ids (l ++ drop n (from_list b (dl_entry x)))).
Proof.
  intros Hl -> Hx Hd Hnd Hall. rewrite ids_app.
  assert (Hin : forall c, c ∈ ids (drop n (from_list b (dl_entry x))) -> places_of (w_peers w) !! c = Some (d, b)).
  { intros c Hc%drop_subset. by apply (from_list_place _ _ _ _ _ _ _ Hl Hx) in Hc. }
  split.
  - apply NoDup_app. split_and!; [done| |apply drop_nodup; destruct (lo_entry _ _ _ Hl _ _ Hx); by destruct b].
    intros c Hc Hc2%Hin. rewrite Forall_forall in Hall. destruct (Hall _ Hc) as (d' & Hd' & Hp'). congruence.
  - apply Forall_app. split.
    + eapply Forall_impl; [done|]. intros c (d' & Hd' & Hc). exists d'. split; [apply elem_of_app; by left|done].
    + apply Forall_forall. intros c Hc%Hin. exists d. split; [apply elem_of_app; right; by apply list_elem_of_singleton|done].
Qed.

Lemma done_grows {b} done d w l :
  Forall (fun c => exists d, d ∈ done /\ places_of (w_peers w) !! c = Some (d, b)) l ->
  Forall (fun c => exists d', d' ∈ done ++ [d] /\ places_of (w_peers w) !! c = Some (d', b)) l.
Proof. intros Hf. eapply Forall_impl; [exact Hf|]. cbn. intros c (d' & Hd' & Hc). exists d'. split; [apply elem_of_app; by left|done]. Qed.

(** The prefix of a container is part of the count. *)
Lemma prefix_count k pl w q cq done rest : lists_ok k pl w -> w_queues w !! q = Some cq -> cq_group_container cq = done ++ rest ->
  0 <= zsum (count_in ge_unchoked (w_downloads w)) done < 2 ^ 30.
Proof.
  intros Hl Hq Hc. pose proof (queue_counts_small _ _ _ _ _ Hl Hq) as Hs. pose proof (lo_few _ _ _ Hl).
  pose proof (qo_unchoked _ _ _ (lo_queue _ _ _ Hl _ _ Hq)) as Hu. rewrite Hc, zsum_app in Hu.
  assert (0 <= zsum (count_in ge_unchoked (w_downloads w)) done) by (apply zsum_nonneg; intros; apply count_in_nonneg).
  assert (0 <= zsum (count_in ge_unchoked (w_downloads w)) rest) by (apply zsum_nonneg; intros; apply count_in_nonneg).
  lia.
Qed.

(** The first half of one turn of [retrieve_connections]: below [min_slots]
    the download unchokes until it has them, else it offers the others. *)
Definition retrieve_unchoked (d : nat) (x : download) (gs : group_stats) (unchoked : list weighted_connection) (w : world)
    : res (group_stats * list weighted_connection * world) :=
  let min_slots := Z.min (ge_min_slots (dl_entry x)) (ge_max_slots (dl_entry x)) in
  if zlen (ge_unchoked (dl_entry x)) <? min_slots then
    '(count, w) ← fill_entry is_up env d min_slots 0 w;
    x ← of_deref (w_downloads w !! d);
    Ok (add_unchoked count (zlen (ge_unchoked (dl_entry x))) gs, unchoked, w)
  else
    Ok (add_unchoked 0 min_slots gs, unchoked ++ drop (Z.to_nat min_slots) (ge_unchoked (dl_entry x)), w).

Lemma debt_small k w : world_inv k w -> 0 <= w_currently w + k < 2 ^ 30.
Proof.
  intros Hw. pose proof (total_unchoked_small _ _ _ (wi_lists _ _ Hw)). pose proof (lo_total _ _ _ (wi_lists _ _ Hw)).
  pose proof (lo_few _ _ _ (wi_lists _ _ Hw)). lia.
Qed.

Lemma retrieve_unchoked_ok k0 q cq done rest d x gs queued unchoked w :
  world_inv (k0 + changed_unchoked gs) w -> 0 <= w_currently w + k0 -> 0 <= changed_unchoked gs ->
  w_queues w !! q = Some cq -> cq_group_container cq = done ++ d :: rest -> collected done gs queued unchoked w ->
  w_downloads w !! d = Some x -> dl_group x = q -> d ∉ done ->
  exists gs' unchoked' w', retrieve_unchoked d x gs unchoked w = Ok (gs', unchoked', w')
    /\ world_inv (k0 + changed_unchoked gs') w' /\ 0 <= changed_unchoked gs'
    /\ collected (done ++ [d]) gs' queued unchoked' w' /\ evolves q w w'
    /\ Forall (fun c => exists d, d ∈ done /\ places_of (w_peers w') !! c = Some (d, false)) (ids queued).
Proof.
  intros Hw Hk0 Hch Hcq Hcon Hco Hx Hq Hd. pose proof (wi_lists _ _ Hw) as Hl.
  pose proof (lo_entry _ _ _ Hl _ _ Hx) as Hent. unfold retrieve_unchoked.
  destruct (eo_max _ _ _ _ Hent) as [Hmx0 _]. destruct (eo_min _ _ _ _ Hent) as [Hmn0 _].
  set (m := Z.min (ge_min_slots (dl_entry x)) (ge_max_slots (dl_entry x))).
  destruct (Z.ltb_spec (zlen (ge_unchoked (dl_entry x))) m) as [Hlt|Hge].
  - unfold fill_entry. rewrite Hx. res_simpl.
    destruct (fill_min_ok _ _ w d x m 0 Hw Hx (le_n _)) as (n & w1 & x1 & -> & Hn & Hw1 & Hev & Hon & Hx1 & Hlen & _ & Hub).
    res_simpl. rewrite Hx1. res_simpl. rewrite Hq in Hev.
    pose proof (collected_only _ _ _ _ _ _ _ Hco Hon Hd) as Hco1. destruct Hco1 as [Hnow Hsum Hcq1 Hcu1 Hqn Hun Hqw Huw].
    assert (Hcd : count_in ge_unchoked (w_downloads w1) d = zlen (ge_unchoked (dl_entry x1))) by (unfold count_in; by rewrite Hx1).
    destruct (ev_download _ _ _ Hev _ _ Hx) as (x1' & Hx1' & Hlim & _). assert (x1' = x1) as -> by congruence.
    destruct (limits_eq _ _ Hlim) as (_ & Hmx & Hmn).
    assert (Hmd : min_of (w_downloads w1) d = m) by (unfold min_of; rewrite Hx1; cbn; by rewrite Hmx, Hmn).
    destruct (ev_queue _ _ _ Hev _ Hcq) as (cq1 & Hcq1' & Hst). assert (Hcon1 : cq_group_container cq1 = (done ++ [d]) ++ rest).
    { rewrite <- app_assoc. unfold static in Hst. cbn. congruence. }
    pose proof (prefix_count _ _ _ _ _ _ _ (wi_lists _ _ Hw1) Hcq1' Hcon1) as Hpre. rewrite zsum_snoc in Hpre.
    pose proof (debt_small _ _ Hw1). pose proof (ev_currently _ _ _ Hev).
    pose proof (zlen_nonneg (ge_unchoked (dl_entry x1))). pose proof (zlen_nonneg unchoked).
    exists (add_unchoked (0 + n) (zlen (ge_unchoked (dl_entry x1))) gs), unchoked, w1. cbn [add_unchoked changed_unchoked].
    rewrite (u32_small (changed_unchoked gs + _)) by lia. split_and!; try done; [|lia|].
    + replace (k0 + (changed_unchoked gs + (0 + n))) with (k0 + changed_unchoked gs + n) by lia. done.
    + constructor; try done; cbn [add_unchoked now_unchoked]; rewrite ?u32_small, ?zsum_snoc, ?Hcd, ?Hmd by lia;
        [|lia|by apply done_grows..].
      destruct (decide (0 < n)); [specialize (Hub ltac:(done)); lia|lia].
  - destruct Hco as [Hnow Hsum Hcq1 Hcu1 Hqn Hun Hqw Huw].
    assert (Hcd : count_in ge_unchoked (w_downloads w) d = zlen (ge_unchoked (dl_entry x))) by (unfold count_in; by rewrite Hx).
    assert (Hmd : min_of (w_downloads w) d = m) by (unfold min_of; by rewrite Hx).
    assert (Hcon1 : cq_group_container cq = (done ++ [d]) ++ rest) by (by rewrite <- app_assoc).
    pose proof (prefix_count _ _ _ _ _ _ _ Hl Hcq Hcon1) as Hpre. rewrite zsum_snoc in Hpre.
    pose proof (debt_small _ _ Hw). pose proof (zlen_nonneg unchoked).
    destruct (add_candidates _ _ w done d x true (Z.to_nat m) unchoked Hl eq_refl Hx Hd Hun Hcu1) as [Hnd' Hall'].
    eexists (add_unchoked 0 m gs), _, w. cbn [add_unchoked changed_unchoked].
    rewrite (u32_small (changed_unchoked gs + _)), Z.add_0_r by lia. split_and!; [done|done|lia| |apply evolves_refl|done].
    constructor; try done; cbn [add_unchoked now_unchoked]; rewrite ?u32_small, ?zsum_snoc, ?Hcd, ?Hmd by lia.
    + lia.
    + unfold zlen in *. rewrite length_app, length_drop. lia.
    + by apply done_grows.
    + apply Forall_app. split; [done|]. apply Forall_drop. apply Hent.
Qed.

Lemma retrieve_entry_ok k0 q cq done rest d gs queued unchoked w :
  world_inv (k0 + changed_unchoked gs) w -> 0 <= w_currently w + k0 -> 0 <= changed_unchoked gs ->
  w_queues w !! q = Some cq -> cq_group_container cq = done ++ d :: rest -> collected done gs queued unchoked w ->
  exists gs' queued' unchoked' w', retrieve_entry is_up env d gs queued unchoked w = Ok (gs', queued', unchoked', w')
    /\ world_inv (k0 + changed_unchoked gs') w' /\ 0 <= changed_unchoked gs'
    /\ collected (done ++ [d]) gs' queued' unchoked' w' /\ evolves q w w'.
Proof.
  intros Hw Hk0 Hch Hcq Hcon Hco. pose proof (wi_lists _ _ Hw) as Hl. pose proof (lo_queue _ _ _ Hl _ _ Hcq) as Hqo.
  destruct (qo_groups _ _ _ Hqo d) as (x & Hx & Hq). { rewrite Hcon. apply elem_of_app. right. left. }
  assert (Hd : d ∉ done).
  { pose proof (qo_nodup _ _ _ Hqo) as Hnd. rewrite Hcon in Hnd. apply NoDup_app in Hnd as (_ & Hdis & _). intros Hin.
    apply (Hdis d Hin). left. }
  destruct (retrieve_unchoked_ok _ _ _ _ _ _ _ _ _ _ _ Hw Hk0 Hch Hcq Hcon Hco Hx Hq Hd) as (gs1 & un1 & w1 & Hr & Hw1 & Hch1 & Hco1 & Hev1 & Hold).
  unfold retrieve_entry. rewrite Hx. res_simpl. unfold retrieve_unchoked in Hr. cbv zeta. rewrite Hr. res_simpl.
  destruct (ev_download _ _ _ Hev1 _ _ Hx) as (x1 & Hx1 & _ & _). rewrite Hx1. res_simpl.
  destruct (zlen (ge_unchoked (dl_entry x1)) <? ge_max_slots (dl_entry x1)); [|exists gs1, queued, un1, w1; split_and!; done].
  destruct Hco1 as [Hnow Hsum Hcq1 Hcu1 Hqn Hun Hqw Huw].
  set (n := (length (ge_queued (dl_entry x1)) - _)%nat).
  destruct (add_candidates _ _ w1 done d x1 false n queued (wi_lists _ _ Hw1) eq_refl Hx1 Hd Hqn Hold) as [Hnd' Hall'].
  exists gs1, (queued ++ drop n (ge_queued (dl_entry x1))), un1, w1. split_and!; try done.
  constructor; try done. apply Forall_app. split; [done|]. apply Forall_drop.
  apply (lo_entry _ _ _ (wi_lists _ _ Hw1) _ _ Hx1).
Qed.

(** Every group of the queue. *)
Lemma retrieve_connections_ok k0 q cq done rest gs queued unchoked w :
  world_inv (k0 + changed_unchoked gs) w -> 0 <= w_currently w + k0 -> 0 <= changed_unchoked gs ->
  w_queues w !! q = Some cq -> cq_group_container cq = done ++ rest -> collected done gs queued unchoked w ->
  exists gs' queued' unchoked' w', retrieve_connections is_up env rest gs queued unchoked w = Ok (gs', queued', unchoked', w')
    /\ world_inv (k0 + changed_unchoked gs') w' /\ 0 <= changed_unchoked gs'
    /\ collected (done ++ rest) gs' queued' unchoked' w' /\ evolves q w w'.
Proof.
  revert done cq gs queued unchoked w. induction rest as [|d rest IH]; intros done cq gs queued unchoked w Hw Hk0 Hch Hcq Hcon Hco;
    cbn [retrieve_connections].
  - exists gs, queued, unchoked, w. rewrite app_nil_r. split_and!; try done. apply evolves_refl.
  - destruct (retrieve_entry_ok _ _ _ _ _ _ _ _ _ _ Hw Hk0 Hch Hcq Hcon Hco) as (gs1 & q1 & u1 & w1 & -> & Hw1 & Hch1 & Hco1 & Hev1).
    res_simpl. destruct (ev_queue _ _ _ Hev1 _ Hcq) as (cq1 & Hcq1 & Hst).
    destruct (IH (done ++ [d]) cq1 gs1 q1 u1 w1 Hw1) as (gs2 & q2 & u2 & w2 & -> & Hw2 & Hch2 & Hco2 & Hev2); try done.
    { by rewrite (ev_currently _ _ _ Hev1). } { rewrite <- app_assoc. unfold static in Hst. cbn. congruence. }
    exists gs2, q2, u2, w2. rewrite <- app_assoc in Hco2. split_and!; try done. by eapply evolves_trans.
Qed.

Lemma collected_nil gs w : now_unchoked gs = 0 -> collected [] gs [] [] w.
Proof. intros Hn. constructor; rewrite ?Hn; try done; try constructor. Qed.

Lemma collected_listed k w q cq gs queued unchoked : lists_ok k (places_of (w_peers w)) w -> w_queues w !! q = Some cq ->
  collected (cq_group_container cq) gs queued unchoked w ->
  Forall (listed q false w) (ids queued) /\ Forall (listed q true w) (ids unchoked).
Proof.
  intros Hl Hq Hco. pose proof (qo_groups _ _ _ (lo_queue _ _ _ Hl _ _ Hq)) as Hg.
  split; [eapply Forall_impl; [apply (co_queued _ _ _ _ _ Hco)|]|eapply Forall_impl; [apply (co_unchoked _ _ _ _ _ Hco)|]];
    cbn; intros c (d & Hd & Hc); destruct (Hg d Hd) as (x & Hx & Hxq); exists d, x; done.
Qed.

Lemma rebuild_ok q l w : groups_in q w l ->
  exists ql ul, rebuild_containers l w = Ok (ql, ul) /\ zlen ul = zsum (count_in ge_unchoked (w_downloads w)) l.
Proof.
  induction l as [|d l IH]; intros Hg; cbn [rebuild_containers]; [by exists [], []|].
  destruct (Hg d ltac:(left)) as (x & Hx & _). destruct IH as (ql & ul & Heq & Hlen). { intros d' Hd'. apply Hg. by right. }
  rewrite Hx. res_simpl. rewrite Heq. res_simpl. eexists _, _. split; [done|].
  unfold zsum. cbn [foldr]. fold (zsum (count_in ge_unchoked (w_downloads w)) l). rewrite <- Hlen.
  unfold count_in. rewrite Hx. cbn. unfold zlen. rewrite length_app. lia.
Qed.

Lemma rebuild_queue k q w cq : world_inv k w -> w_queues w !! q = Some cq ->
  exists ql ul, rebuild_containers (cq_group_container cq) w = Ok (ql, ul) /\ zlen ul = cq_currently_unchoked cq.
Proof.
  intros Hw Hq. pose proof (lo_queue _ _ _ (wi_lists _ _ Hw) _ _ Hq) as Hqo.
  destruct (rebuild_ok q (cq_group_container cq) w (qo_groups _ _ _ Hqo)) as (ql & ul & Heq & Hlen).
  exists ql, ul. split; [done|]. by rewrite (qo_unchoked _ _ _ Hqo).
Qed.

(** What [balance] and [cycle] start with: weigh, sort and collect. *)
Lemma collect_ok k q cq h w : world_inv k w -> w_queues w !! q = Some cq -> m_heuristics_list is_up env (cq_heuristics cq) = Some h ->
  exists gs1 w1 gs queued unchoked w2 cq2,
    prepare_weights h (cq_group_container cq) new_stats w = Ok (gs1, w1)
    /\ retrieve_connections is_up env (cq_group_container cq) gs1 [] [] w1 = Ok (gs, queued, unchoked, w2)
    /\ world_inv (k + changed_unchoked gs) w2 /\ 0 <= changed_unchoked gs /\ evolves q w w2
    /\ w_queues w2 !! q = Some cq2 /\ static cq2 = static cq
    /\ now_unchoked gs + zlen unchoked = cq_currently_unchoked cq2
    /\ collected (cq_group_container cq) gs queued unchoked w2.
Proof.
  intros Hw Hq Hh. pose proof (qo_groups _ _ _ (lo_queue _ _ _ (wi_lists _ _ Hw) _ _ Hq)) as Hg.
  destruct (prepare_weights_ok k q _ h _ new_stats w Hw Hh Hg) as (gs1 & w1 & Heq1 & Hw1 & _ & Hqs1 & Hev1 & Hn1 & Hc1).
  cbn in Hn1, Hc1. pose proof (debt_small _ _ Hw1) as Hd1.
  destruct (retrieve_connections_ok k q cq [] (cq_group_container cq) gs1 [] [] w1) as (gs & qd & un & w2 & Heq2 & Hw2 & Hch & Hco & Hev2);
    [by rewrite Hc1, Z.add_0_r|lia|by rewrite Hc1|by rewrite Hqs1|done|by apply collected_nil|].
  destruct (ev_queue _ _ _ Hev2 cq) as (cq2 & Hcq2 & Hst). { by rewrite Hqs1. }
  exists gs1, w1, gs, qd, un, w2, cq2. split_and!; try done; [by eapply evolves_trans|].
  rewrite (co_sum _ _ _ _ _ Hco), (qo_unchoked _ _ _ (lo_queue _ _ _ (wi_lists _ _ Hw2) _ _ Hcq2)).
  cbn [app]. unfold static in Hst. f_equal. congruence.
Qed.

(** Sizes of the containers. *)
Lemma nodup_listed_small k q b w l : world_inv k w -> NoDup (ids l) -> Forall (listed q b w) (ids l) -> zlen l < 2 ^ 30.
Proof.
  intros Hw Hnd Hall. pose proof (lo_few _ _ _ (wi_lists _ _ Hw)) as Hf.
  assert (Hsub : list_to_set (C := gset nat) (ids l) ⊆ dom (places_of (w_peers w))).
  { intros c Hc%elem_of_list_to_set. rewrite Forall_forall in Hall. destruct (Hall _ Hc) as (d & x & Hp & _).
    by apply elem_of_dom_2 in Hp. }
  apply subseteq_size in Hsub. rewrite size_list_to_set, size_dom in Hsub by done. unfold ids, zlen in *.
  rewrite length_fmap in Hsub. lia.
Qed.

(** The second half of [cycle]: what is above the quota is choked, from the
    connections that were unchoked before. *)
Lemma cycle_choke k q hs h un mv qd quota w : world_inv k w -> m_heuristics_list is_up env hs = Some h ->
  (forall n, 0 <= env_random env n) -> 0 <= quota < 2 ^ 32 -> zlen mv <= quota -> zlen un < 2 ^ 30 -> zlen mv < 2 ^ 30 ->
  NoDup (ids un) -> Forall (listed q true w) (ids un) -> u32_weights un -> u32_weights mv -> u32_weights qd ->
  exists un' qd' w' n,
    (if quota <? zlen (un ++ mv) then
       '(unchoked, queued, _, w) ←
         adjust_choke_range is_up env h 0 (length (un ++ mv) - Z.to_nat (zlen mv)) (un ++ mv) qd (zlen (un ++ mv) - quota) true w;
       Ok (unchoked, queued, w)
     else Ok (un ++ mv, qd, w)) = Ok (un', qd', w')
    /\ world_inv (k - n) w' /\ evolves q w w' /\ zlen un' = zlen un + zlen mv - n /\ zlen un' <= quota.
Proof.
  intros Hw Hh Hrnd Hq Hmv Hszu Hszm Hnd Hl Huw Hmw Hqw. pose proof (zlen_nonneg un). pose proof (zlen_nonneg mv).
  assert (Hlen : zlen (un ++ mv) = zlen un + zlen mv) by (unfold zlen; rewrite length_app; lia).
  destruct (Z.ltb_spec quota (zlen (un ++ mv))) as [Hlt|Hge].
  2:{ exists (un ++ mv), qd, w, 0. rewrite Z.sub_0_r. split_and!; try done; [apply evolves_refl|lia]. }
  assert (Hlast : (length (un ++ mv) - Z.to_nat (zlen mv))%nat = length un) by (unfold zlen; rewrite length_app; lia).
  rewrite Hlast. assert (Htake : take (length un) (un ++ mv) = un) by (by rewrite take_app_length).
  destruct (adjust_choke_range_ok k q hs h (length un) (un ++ mv) qd (zlen (un ++ mv) - quota) true w)
    as (un' & mv' & w' & -> & Hw' & Hev & _ & Hsl & _ & _ & _); try done;
    [rewrite length_app; lia|lia|unfold is_u32; lia|by rewrite Htake..|by apply Forall_app|].
  res_simpl. fold (zlen un) in *. rewrite Z.min_l in * by lia. cbn [delta] in *.
  exists un', (qd ++ mv'), w', (zlen (un ++ mv) - quota). split_and!; try done; [|lia|lia].
  replace (k - (zlen (un ++ mv) - quota)) with (k + (zlen (un ++ mv) - quota) * -1) by lia. done.
Qed.

Lemma max_alternate_nonneg cq : 0 <= max_alternate cq.
Proof. unfold max_alternate. destruct (cq_currently_unchoked cq <? 31); apply Z.div_pos; try apply u32_range; lia. Qed.

Lemma min_of_evolves q w w' d : evolves q w w' -> is_Some (w_downloads w !! d) -> min_of (w_downloads w') d = min_of (w_downloads w) d.
Proof.
  intros Hev [x Hx]. destruct (ev_download _ _ _ Hev _ _ Hx) as (x' & Hx' & Hl & _).
  destruct (limits_eq _ _ Hl) as (_ & Hmx & Hmn). unfold min_of. rewrite Hx, Hx'. cbn. by rewrite Hmx, Hmn.
Qed.

(** [cycle]: it never throws, it reports the change of its own count, and the
    count ends within the quota, unless the minimum slots of the downloads
    already exceed it. *)
Lemma cycle_spec k q cq quota w : world_inv k w -> w_queues w !! q = Some cq -> is_u32 quota -> (forall n, 0 <= env_random env n) ->
  exists n w' cq', cycle is_up env q quota w = Ok (n, w') /\ world_inv (k + n) w' /\ evolves q w w'
    /\ w_queues w' !! q = Some cq' /\ static cq' = static cq /\ cq_currently_unchoked cq' = cq_currently_unchoked cq + n
    /\ cq_currently_unchoked cq' <= Z.max (Z.min quota (cq_max_unchoked cq)) (zsum (min_of (w_downloads w')) (cq_group_container cq)).
Proof.
  intros Hw Hq [Hqt0 Hqt1] Hrnd. pose proof (lo_queue _ _ _ (wi_lists _ _ Hw) _ _ Hq) as Hqo.
  destruct (heuristics_some (cq_heuristics cq)) as [h Hh]; [apply Hqo|]. destruct (qo_max _ _ _ Hqo) as [Hmx0 Hmx1].
  destruct (rebuild_queue _ _ _ _ Hw Hq) as (ql0 & ul0 & Hr0 & Hlen0).
  destruct (collect_ok k q cq h w Hw Hq Hh) as (gs1 & w1 & gs & qd & un & w2 & cq2 & Heq1 & Heq2 & Hw2 & Hch & Hev2 & Hcq2 & Hst2 & Hsum & Hco).
  unfold cycle. rewrite Hq. res_simpl. rewrite Hr0. res_simpl. rewrite Hh. res_simpl. rewrite Heq1. res_simpl. rewrite Heq2. res_simpl.
  assert (Hcon2 : cq_group_container cq2 = cq_group_container cq) by (unfold static in Hst2; congruence).
  destruct (collected_listed _ w2 q cq2 gs qd un (wi_lists _ _ Hw2) Hcq2) as [Hlq Hlu]; [by rewrite Hcon2|].
  pose proof Hco as [Hnow _ _ _ Hqn Hun Hqw Huw].
  pose proof (nodup_listed_small _ _ _ _ _ Hw2 Hqn Hlq) as Hszq. pose proof (nodup_listed_small _ _ _ _ _ Hw2 Hun Hlu) as Hszu.
  set (quota1 := Z.min quota (cq_max_unchoked cq)). set (quota2 := quota1 - Z.min quota1 (now_unchoked gs)).
  set (adjust := Z.min (Z.max (if zlen un <? quota2 then quota2 - zlen un else 0) (max_alternate cq)) quota2).
  pose proof (queue_counts_small _ _ _ _ _ (wi_lists _ _ Hw) Hq) as Hqs. pose proof (lo_few _ _ _ (wi_lists _ _ Hw)) as Hfew.
  assert (Hq2 : 0 <= quota2 < 2 ^ 32) by (unfold quota2, quota1; lia).
  pose proof (max_alternate_nonneg cq) as Halt.
  assert (Hadj : 0 <= adjust <= quota2) by (unfold adjust; destruct (zlen un <? quota2); lia).
  assert (Hall : take (length qd) qd = qd) by (by rewrite take_ge).
  destruct (adjust_choke_range_ok (k + changed_unchoked gs) q (cq_heuristics cq) h (length qd) qd un adjust false w2)
    as (qd' & mv & w3 & -> & Hw3 & Hev3 & Hmv & _ & Hqw' & Hmvw & Hfr3); try done; [lia|unfold is_u32; lia|by rewrite Hall..|].
  res_simpl. rewrite Hall in Hfr3. fold (zlen qd) in *. rewrite <- Hmv in *. cbn [delta] in Hw3. rewrite Z.mul_1_r in Hw3.
  pose proof (zlen_nonneg qd). assert (Hmvq : zlen mv <= quota2) by lia.
  destruct (cycle_choke _ q (cq_heuristics cq) h un mv qd' quota2 w3 Hw3 Hh Hrnd Hq2 Hmvq Hszu ltac:(lia) Hun) as (un' & qd'' & w4 & n2 & -> & Hw4 & Hev4 & Hlu' & Hle);
    try done.
  { rewrite Forall_forall in Hlu |- *. intros c Hc. apply (listed_frame _ _ w2); [by apply Hlu|done|]. apply Hfr3. intros Hc2.
    rewrite Forall_forall in Hlq. destruct (Hlq _ Hc2) as (d1 & x1 & Hp1 & _). destruct (Hlu _ Hc) as (d2 & x2 & Hp2 & _). congruence. }
  res_simpl. rewrite (proj2 (throw_when_ok _ _ tt)) by (apply Z.ltb_ge; lia). res_simpl.
  assert (Hev24 : evolves q w2 w4) by (by eapply evolves_trans). assert (Hev : evolves q w w4) by (by eapply evolves_trans).
  destruct (ev_queue _ _ _ Hev24 _ Hcq2) as (cq4 & Hcq4 & Hst4).
  assert (Hcon4 : cq_group_container cq4 = cq_group_container cq) by (unfold static in *; congruence).
  destruct (rebuild_queue _ _ _ _ Hw4 Hcq4) as (ql4 & ul4 & Hr4 & Hlen4). rewrite Hcon4 in Hr4. rewrite Hr4. res_simpl.
  pose proof (evolves_count _ _ _ _ _ _ _ Hw Hw4 Hev Hq Hcq4) as Hcount.
  pose proof (evolves_count _ _ _ _ _ _ _ Hw2 Hw4 Hev24 Hcq2 Hcq4) as Hcount2.
  exists (zlen ul4 - zlen ul0), w4, cq4. rewrite Hlen4, Hlen0. split_and!; try done; [|congruence|lia|].
  - rewrite Hcount. by replace (k + (k + changed_unchoked gs + zlen mv - n2 - k)) with (k + changed_unchoked gs + zlen mv - n2) by lia.
  - assert (Hmin : zsum (min_of (w_downloads w4)) (cq_group_container cq) = zsum (min_of (w_downloads w2)) (cq_group_container cq)).
    { apply zsum_ext. intros d Hd. apply (min_of_evolves q); [done|].
      destruct (qo_groups _ _ _ (lo_queue _ _ _ (wi_lists _ _ Hw2) _ _ Hcq2) d) as (x & Hx & _); [by rewrite Hcon2|by rewrite Hx]. }
    rewrite Hmin. fold quota1. unfold quota2 in *. lia.
Qed.

Lemma s32_range z : - 2 ^ 31 <= s32 z < 2 ^ 31.
Proof. unfold s32. pose proof (Z.mod_pos_bound (z + 2 ^ 31) (2 ^ 32) ltac:(lia)). lia. Qed.

Lemma can_unchoke_range w : - 2 ^ 32 < slot_can_unchoke w < 2 ^ 32.
Proof. unfold slot_can_unchoke. pose proof (s32_range (w_max w)). pose proof (s32_range (w_currently w)). destruct (w_max w =? 0); lia. Qed.

(** Settling a debt, if there is one. *)
Lemma settle_balance_ok k w : world_inv k w ->
  exists w', (if negb (k =? 0) then slot_unchoke k w else Ok w) = Ok w' /\ world_ok w' /\ w_peers w' = w_peers w
    /\ w_downloads w' = w_downloads w /\ w_queues w' = w_queues w.
Proof.
  intros Hw. destruct (Z.eqb_spec k 0) as [->|Hk]; cbn [negb]; [by exists w|].
  destruct (slot_unchoke_settles k w Hw) as (w' & Heq & Hok & Hp & Hd & Hq & _). by exists w'.
Qed.

Lemma listed_ext q b w w' l : w_peers w' = w_peers w -> w_downloads w' = w_downloads w ->
  Forall (listed q b w) l -> Forall (listed q b w') l.
Proof. intros Hp Hd. unfold listed. by rewrite Hp, Hd. Qed.

Lemma balance_spec w q cq : world_ok w -> w_queues w !! q = Some cq -> (forall n, 0 <= env_random env n) ->
  exists w', balance is_up env q w = Ok w' /\ world_ok w'.
Proof.
  intros Hw Hq Hrnd. pose proof (lo_queue _ _ _ (wi_lists _ _ Hw) _ _ Hq) as Hqo.
  destruct (heuristics_some (cq_heuristics cq)) as [h Hh]; [apply Hqo|]. destruct (qo_max _ _ _ Hqo) as [Hmx0 Hmx1].
  unfold balance. rewrite Hq. res_simpl. destruct (cq_currently_unchoked cq =? cq_max_unchoked cq); [by exists w|].
  destruct (collect_ok 0 q cq h w Hw Hq Hh) as (gs1 & w1 & gs & qd & un & w2 & cq2 & Heq1 & Heq2 & Hw2 & Hch & Hev2 & Hcq2 & Hst2 & Hsum & Hco).
  rewrite Hh. res_simpl. rewrite Heq1. res_simpl. rewrite Heq2. res_simpl.
  assert (Hcon2 : cq_group_container cq2 = cq_group_container cq) by (unfold static in Hst2; congruence).
  destruct (collected_listed _ w2 q cq2 gs qd un (wi_lists _ _ Hw2) Hcq2) as [Hlq Hlu]; [by rewrite Hcon2|].
  pose proof Hco as [Hnow _ _ _ Hqn Hun Hqw Huw].
  pose proof (nodup_listed_small _ _ _ _ _ Hw2 Hqn Hlq) as Hszq. pose proof (nodup_listed_small _ _ _ _ _ Hw2 Hun Hlu) as Hszu.
  pose proof (queue_counts_small _ _ _ _ _ (wi_lists _ _ Hw2) Hcq2). pose proof (lo_few _ _ _ (wi_lists _ _ Hw2)).
  rewrite Z.add_0_l in Hw2. destruct (settle_balance_ok _ _ Hw2) as (w3 & -> & Hw3 & Hp3 & Hd3 & Hqs3). res_simpl.
  apply (listed_ext _ _ _ w3) in Hlq, Hlu; try done.
  rewrite s32_small by (pose proof (zlen_nonneg un); lia).
  pose proof (can_unchoke_range w3). set (adjust := Z.min _ (slot_can_unchoke w3)).
  assert (Hadj : - 2 ^ 32 < adjust <= 2 ^ 20) by (unfold adjust; pose proof (zlen_nonneg un); lia).
  assert (Htq : take (length qd) qd = qd) by (by rewrite take_ge). assert (Htu : take (length un) un = un) by (by rewrite take_ge).
  destruct (Z.ltb_spec 0 adjust); [|destruct (Z.ltb_spec adjust 0)].
  - destruct (adjust_choke_range_ok 0 q (cq_heuristics cq) h (length qd) qd un adjust false w3)
      as (src & mv & w4 & -> & Hw4 & _); try done; [lia|unfold is_u32; lia|by rewrite Htq..|].
    res_simpl. cbn [delta] in Hw4. rewrite Z.mul_1_r, Z.add_0_l in Hw4. destruct (settle_balance_ok _ _ Hw4) as (w5 & -> & Hw5 & _). by exists w5.
  - destruct (adjust_choke_range_ok 0 q (cq_heuristics cq) h (length un) un qd (- adjust) true w3)
      as (src & mv & w4 & -> & Hw4 & _); try done; [lia|unfold is_u32; lia|by rewrite Htu..|].
    res_simpl. cbn [delta] in Hw4.
    match type of Hw4 with world_inv ?k _ => replace k with (- Z.min (- adjust) (Z.of_nat (length un))) in Hw4 by lia end.
    destruct (settle_balance_ok _ _ Hw4) as (w5 & -> & Hw5 & _). by exists w5.
  - res_simpl. by exists w3.
Qed.

(** *** Limits of a download *)

Lemma set_limits_ok k w d x mx mn : world_inv k w -> w_downloads w !! d = Some x -> is_u32 mx -> is_u32 mn ->
  world_inv k (set_entry d (GE mx mn (ge_queued (dl_entry x)) (ge_unchoked (dl_entry x))) w).
Proof.
  intros Hw Hx Hmx Hmn. pose proof (wi_lists _ _ Hw) as Hl. destruct (lists_queue _ _ _ _ _ Hl Hx) as (cq & Hcq & _).
  apply (world_inv_lists k k w); [done|done| |by apply (set_entry_info _ _ _ x); [apply Hw|..]|intros; by apply set_entry_some].
  eapply (lists_replace k k _ _ w _ d x _ _ cq 0 0 Hl Hx Hcq); [by apply set_entry_downloads|..]; try (cbn; lia); try done.
  - rewrite !Z.add_0_r, set_counts_id, list_insert_id by done. done.
  - destruct (lo_entry _ _ _ Hl _ _ Hx). by constructor.
  - apply (lo_few _ _ _ Hl).
  - apply (lo_current _ _ _ Hl).
Qed.

Lemma set_slots_max_ok w d x v : world_ok w -> w_downloads w !! d = Some x -> 0 <= v <= 2 ^ 16 ->
  exists w' x', set_slots_max is_up env d v w = Ok w' /\ world_ok w' /\ w_downloads w' !! d = Some x'
    /\ ge_max_slots (dl_entry x') = (if v =? 0 then unlimited else v) /\ zlen (ge_unchoked (dl_entry x')) <= ge_max_slots (dl_entry x').
Proof.
  intros Hw Hx Hv. unfold set_slots_max. rewrite (proj2 (throw_when_ok _ _ tt)) by (apply Z.ltb_ge; lia). res_simpl. rewrite Hx. res_simpl.
  set (m := if v =? 0 then unlimited else v). assert (Hm : is_u32 m) by (unfold m, unlimited, is_u32; destruct (v =? 0); lia).
  set (x1 := Download (dl_group x) (set_max_slots m (dl_entry x)) (dl_unchoked x)).
  destruct (balance_entry_spec (set_entry d (set_max_slots m (dl_entry x)) w) d x1) as (w' & x' & Heq & Hok & Hx' & Hl & Hmax & _).
  - apply (set_limits_ok 0 w d x m (ge_min_slots (dl_entry x))); [done..|]. apply (lo_entry _ _ _ (wi_lists _ _ Hw) _ _ Hx).
  - rewrite (set_entry_downloads _ _ _ x) by done. apply lookup_insert_eq.
  - destruct (limits_eq _ _ Hl) as (_ & Hmx & _). cbn in Hmx, Hmax, Heq. exists w', x'. rewrite Hmx. done.
Qed.

Lemma set_slots_min_ok w d x v : world_ok w -> w_downloads w !! d = Some x -> 0 <= v <= 2 ^ 16 ->
  exists w' x', set_slots_min is_up env d v w = Ok w' /\ world_ok w' /\ w_downloads w' !! d = Some x'
    /\ ge_min_slots (dl_entry x') = v
    /\ (ge_queued (dl_entry x') = [] \/ Z.min v (ge_max_slots (dl_entry x')) <= zlen (ge_unchoked (dl_entry x'))).
Proof.
  intros Hw Hx Hv. unfold set_slots_min. rewrite (proj2 (throw_when_ok _ _ tt)) by (apply Z.ltb_ge; lia). res_simpl. rewrite Hx. res_simpl.
  set (x1 := Download (dl_group x) (set_min_slots v (dl_entry x)) (dl_unchoked x)).
  destruct (balance_entry_spec (set_entry d (set_min_slots v (dl_entry x)) w) d x1) as (w' & x' & Heq & Hok & Hx' & Hl & _ & Hmin).
  - apply (set_limits_ok 0 w d x (ge_max_slots (dl_entry x)) v); [done|done| |unfold is_u32; lia].
    apply (lo_entry _ _ _ (wi_lists _ _ Hw) _ _ Hx).
  - rewrite (set_entry_downloads _ _ _ x) by done. apply lookup_insert_eq.
  - destruct (limits_eq _ _ Hl) as (_ & Hmx & Hmn). cbn in Hmx, Hmn, Hmin, Heq. exists w', x'. rewrite Hmx, Hmn. done.
Qed.

(** *** What no call on a connection or a queue changes *)

Record keeps (w w' : world) : Prop := {
  kp_queues : length (w_queues w') = length (w_queues w);
  kp_max : w_max w' = w_max w;
  kp_groups : dl_group <$> w_downloads w' = dl_group <$> w_downloads w;
}.

Lemma keeps_refl w : keeps w w.
Proof. done. Qed.

Lemma keeps_trans w1 w2 w3 : keeps w1 w2 -> keeps w2 w3 -> keeps w1 w3.
Proof. intros [] []. constructor; congruence. Qed.

Lemma keeps_update_peer c f w w' : keeps w w' -> keeps w (update_peer c f w').
Proof. by intros []. Qed.

Lemma keeps_update_status c f w w' : keeps w w' -> keeps w (update_status c f w').
Proof. by intros []. Qed.

Lemma keeps_set_peers m w w' : keeps w w' -> keeps w (set_peers m w').
Proof. by intros []. Qed.

Lemma keeps_set_random n w w' : keeps w w' -> keeps w (set_random n w').
Proof. by intros []. Qed.

Lemma keeps_set_currently n w w' : keeps w w' -> keeps w (set_currently n w').
Proof. by intros []. Qed.

Lemma keeps_update_queue q f w w' : keeps w w' -> keeps w (update_queue q f w').
Proof. intros []. constructor; try done. cbn. by rewrite length_alter. Qed.

Lemma alter_groups (f : download -> download) d m : (forall x, dl_group (f x) = dl_group x) ->
  dl_group <$> alter f d m = dl_group <$> (m : gmap nat download).
Proof.
  intros Hf. apply map_eq. intros i. rewrite !lookup_fmap. destruct (decide (i = d)) as [->|].
  - rewrite lookup_alter_eq. destruct (m !! d); cbn; by rewrite ?Hf.
  - by rewrite lookup_alter_ne.
Qed.

Lemma keeps_update_info d n w w' : keeps w w' -> keeps w (update_info d n w').
Proof. intros []. constructor; try done. unfold update_info. cbn. by rewrite alter_groups. Qed.

Lemma keeps_set_entry d e w w' : keeps w w' -> keeps w (set_entry d e w').
Proof. intros []. constructor; try done. unfold set_entry. cbn. by rewrite alter_groups. Qed.

Lemma keeps_on_entry d f w0 w w' : on_entry d f w = Ok w' -> keeps w0 w -> keeps w0 w'.
Proof. unfold on_entry. intros Ho Hk. res_inv. by apply keeps_set_entry. Qed.

Lemma keeps_slot_unchoke n w0 w w' : slot_unchoke n w = Ok w' -> keeps w0 w -> keeps w0 w'.
Proof. unfold slot_unchoke. intros Ho Hk. res_inv. by apply keeps_set_currently. Qed.

Create HintDb keeps.
#[local] Hint Resolve keeps_refl keeps_update_peer keeps_update_status keeps_set_peers keeps_set_random keeps_set_currently
  keeps_update_queue keeps_update_info keeps_set_entry keeps_on_entry keeps_slot_unchoke : keeps.

(** Takes a run apart into its calls, down to the primitive updates. *)
Ltac keeps_inv := repeat first
  [ progress res_inv
  | match goal with v : (_ * _)%type |- _ => destruct v end
  | match goal with H : (if ?b then _ else _) = Ok _ |- _ => destruct b end
  | match goal with H : (match ?o with Some _ => _ | None => _ end) = Ok _ |- _ => destruct o end ].
Ltac keeps_tac := intros; cbv zeta in *; keeps_inv; eauto 12 with keeps.

Lemma keeps_move_choked b c w0 w w' : move_choked env b c w = Ok w' -> keeps w0 w -> keeps w0 w'.
Proof. unfold move_choked. keeps_tac. Qed.
#[local] Hint Resolve keeps_move_choked : keeps.

Lemma keeps_choke_unqueue slot c base w0 w w' :
  (forall c b w0 w w' r, slot c b w = Ok (w', r) -> keeps w0 w -> keeps w0 w') ->
  choke_unqueue slot c base w = Ok w' -> keeps w0 w -> keeps w0 w'.
Proof. unfold choke_unqueue. keeps_tac. Qed.

Lemma keeps_set_not_queued_with slot c w0 w w' :
  (forall c b w0 w w' r, slot c b w = Ok (w', r) -> keeps w0 w -> keeps w0 w') ->
  set_not_queued_with slot c w = Ok w' -> keeps w0 w -> keeps w0 w'.
Proof. unfold set_not_queued_with. intros Hs. keeps_tac. eapply keeps_choke_unqueue; eauto with keeps. Qed.

Lemma keeps_slot_connection c b w0 w w' r : slot_connection is_up env c b w = Ok (w', r) -> keeps w0 w -> keeps w0 w'.
Proof.
  assert (Hd : forall n c b w0 w w' r, receive_download_choke env n c b w = Ok (w', r) -> keeps w0 w -> keeps w0 w').
  { clear. induction n as [|n IH]; intros c b w0 w w' r; cbn [receive_download_choke]; [done|]. keeps_tac.
    eapply keeps_set_not_queued_with; eauto with keeps. }
  unfold slot_connection, receive_upload_choke. destruct is_up; [keeps_tac|eauto].
Qed.
#[local] Hint Resolve keeps_slot_connection : keeps.

Lemma keeps_unchoke_if_room c base q w0 w w' : unchoke_if_room is_up env c base q w = Ok w' -> keeps w0 w -> keeps w0 w'.
Proof. unfold unchoke_if_room. keeps_tac. Qed.
#[local] Hint Resolve keeps_unchoke_if_room : keeps.

Lemma keeps_set_queued c w0 w w' : set_queued is_up env c w = Ok w' -> keeps w0 w -> keeps w0 w'.
Proof. unfold set_queued. keeps_tac. Qed.

Lemma keeps_set_not_queued c w0 w w' : set_not_queued is_up env c w = Ok w' -> keeps w0 w -> keeps w0 w'.
Proof. unfold set_not_queued. apply keeps_set_not_queued_with. eauto with keeps. Qed.
#[local] Hint Resolve keeps_set_queued keeps_set_not_queued : keeps.

Lemma keeps_set_snubbed c w0 w w' : set_snubbed is_up env c w = Ok w' -> keeps w0 w -> keeps w0 w'.
Proof.
  unfold set_snubbed. keeps_tac. all: apply keeps_update_status; eapply keeps_choke_unqueue; eauto with keeps.
Qed.

Lemma keeps_set_not_snubbed c w0 w w' : set_not_snubbed is_up env c w = Ok w' -> keeps w0 w -> keeps w0 w'.
Proof. unfold set_not_snubbed. keeps_tac. Qed.

Lemma keeps_read_choke c w0 w w' : read_choke is_up env c w = Ok w' -> keeps w0 w -> keeps w0 w'.
Proof. unfold read_choke. keeps_tac. Qed.

Lemma keeps_read_unchoke c w0 w w' : read_unchoke is_up env c w = Ok w' -> keeps w0 w -> keeps w0 w'.
Proof. unfold read_unchoke. keeps_tac. Qed.

Lemma keeps_cleanup c w0 w w' : cleanup c w = Ok w' -> keeps w0 w -> keeps w0 w'.
Proof. unfold cleanup, disconnected. keeps_tac. Qed.

Lemma keeps_fill_min fuel d m count w0 w w' n : fill_min is_up env fuel d m count w = Ok (n, w') -> keeps w0 w -> keeps w0 w'.
Proof. revert count w. induction fuel as [|fuel IH]; intros count w; cbn [fill_min]; keeps_tac. Qed.

Lemma keeps_trim_max fuel d count w0 w w' n : trim_max is_up env fuel d count w = Ok (n, w') -> keeps w0 w -> keeps w0 w'.
Proof. revert count w. induction fuel as [|fuel IH]; intros count w; cbn [trim_max]; keeps_tac. Qed.
#[local] Hint Resolve keeps_fill_min keeps_trim_max : keeps.

Lemma keeps_weigh_entry hs h d w0 w w' : m_heuristics_list is_up env hs = Some h -> weigh_entry h d w = Ok w' -> keeps w0 w -> keeps w0 w'.
Proof.
  intros Hh Ho Hk. destruct (heuristics_ok _ _ Hh) as (Hf1 & Hf2 & _). unfold weigh_entry in Ho. res_inv.
  match goal with H : w_downloads w !! d = Some ?x |- _ =>
    destruct (weigh_spec _ (ge_unchoked (dl_entry x)) w Hf1) as (lu & n1 & E1 & _);
    destruct (weigh_spec _ (ge_queued (dl_entry x)) (set_random n1 w) Hf2) as (lq & n2 & E2 & _) end.
  rewrite E1, E2 in Ho. res_inv. eauto with keeps.
Qed.

Lemma keeps_prepare_weights hs h groups gs w0 w gs' w' : m_heuristics_list is_up env hs = Some h ->
  prepare_weights h groups gs w = Ok (gs', w') -> keeps w0 w -> keeps w0 w'.
Proof.
  intros Hh. revert gs w. induction groups as [|d groups IH]; intros gs w; cbn [prepare_weights]; [keeps_tac|].
  intros Ho Hk. res_inv. eapply IH; [eassumption|]. eapply keeps_weigh_entry; eauto.
Qed.

Lemma keeps_retrieve_entry d gs queued unchoked w0 w r w' : retrieve_entry is_up env d gs queued unchoked w = Ok (r, w') ->
  keeps w0 w -> keeps w0 w'.
Proof. unfold retrieve_entry, fill_entry. keeps_tac. Qed.
#[local] Hint Resolve keeps_retrieve_entry : keeps.

Lemma keeps_retrieve_connections groups gs queued unchoked w0 w r w' :
  retrieve_connections is_up env groups gs queued unchoked w = Ok (r, w') -> keeps w0 w -> keeps w0 w'.
Proof.
  revert gs queued unchoked w. induction groups as [|d groups IH]; intros gs queued unchoked w; cbn [retrieve_connections]; keeps_tac.
Qed.

Lemma keeps_choke_range b l w0 w w' : choke_range is_up env b l w = Ok w' -> keeps w0 w -> keeps w0 w'.
Proof. revert w. induction l as [|v l IH]; intros w; cbn [choke_range]; keeps_tac. Qed.
#[local] Hint Resolve keeps_choke_range : keeps.

Lemma keeps_adjust_orders b os src dest count skipped w0 w r w' :
  adjust_orders is_up env b os src dest count skipped w = Ok (r, w') -> keeps w0 w -> keeps w0 w'.
Proof.
  revert src dest count skipped w. induction os as [|o os IH]; intros src dest count skipped w; cbn [adjust_orders]; keeps_tac.
Qed.
#[local] Hint Resolve keeps_adjust_orders keeps_retrieve_connections : keeps.

Lemma keeps_adjust h first last src dest max b w0 w r w' :
  adjust_choke_range is_up env h first last src dest max b w = Ok (r, w') -> keeps w0 w -> keeps w0 w'.
Proof. unfold adjust_choke_range, draw. keeps_tac. Qed.
#[local] Hint Resolve keeps_adjust keeps_prepare_weights keeps_weigh_entry : keeps.

Lemma keeps_balance q w0 w w' : balance is_up env q w = Ok w' -> keeps w0 w -> keeps w0 w'.
Proof. unfold balance. keeps_tac. Qed.

Lemma keeps_cycle q quota w0 w n w' : cycle is_up env q quota w = Ok (n, w') -> keeps w0 w -> keeps w0 w'.
Proof. unfold cycle. keeps_tac. Qed.

Lemma keeps_balance_entry q d w0 w w' : balance_entry is_up env q d w = Ok w' -> keeps w0 w -> keeps w0 w'.
Proof. unfold balance_entry, trim_entry, fill_entry. keeps_tac. Qed.
#[local] Hint Resolve keeps_balance_entry : keeps.

Lemma keeps_set_slots_max d v w0 w w' : set_slots_max is_up env d v w = Ok w' -> keeps w0 w -> keeps w0 w'.
Proof. unfold set_slots_max. keeps_tac. Qed.

Lemma keeps_set_slots_min d v w0 w w' : set_slots_min is_up env d v w = Ok w' -> keeps w0 w -> keeps w0 w'.
Proof. unfold set_slots_min. keeps_tac. Qed.

(** *** Calls *)

(** The calls the connections of a side, its downloads and its queues make. *)
Inductive call :=
  | Connect (c d : nat) (interested : bool)
  | Cleanup (c : nat)
  | SetQueued (c : nat)
  | SetNotQueued (c : nat)
  | SetUploadSnubbed (v : bool) (c : nat)
  | ReadChoke (c : nat)
  | ReadUnchoke (c : nat)
  | Balance (q : nat)
  | SetSlotsMax (d : nat) (v : Z)
  | SetSlotsMin (d : nat) (v : Z).

Definition run_call (k : call) (w : world) : res world :=
  match k with
  | Connect c d b => Ok (connect c d b w)
  | Cleanup c => cleanup c w
  | SetQueued c => set_queued is_up env c w
  | SetNotQueued c => set_not_queued is_up env c w
  | SetUploadSnubbed v c => set_upload_snubbed is_up env v c w
  | ReadChoke c => read_choke is_up env c w
  | ReadUnchoke c => read_unchoke is_up env c w
  | Balance q => balance is_up env q w
  | SetSlotsMax d v => set_slots_max is_up env d v w
  | SetSlotsMin d v => set_slots_min is_up env d v w
  end.

(** What the callers ensure: connections and downloads that exist, a new
    connection while there are fewer than 2^30, limits within their bounds,
    and on the download side [set_queued] only while the remote peer has us
    unchoked. *)
Definition call_allowed (k : call) (w : world) : Prop :=
  match k with
  | Connect c d _ => w_peers w !! c = None /\ is_Some (w_downloads w !! d) /\ Z.of_nat (size (w_peers w)) + 1 < 2 ^ 30
  | Cleanup c | SetNotQueued c | SetUploadSnubbed _ c | ReadChoke c | ReadUnchoke c => is_Some (w_peers w !! c)
  | SetQueued c => exists p, w_peers w !! c = Some p /\ (is_up = false -> pc_down_unchoked p = true)
  | Balance q => is_Some (w_queues w !! q) /\ forall n, 0 <= env_random env n
  | SetSlotsMax d v | SetSlotsMin d v => is_Some (w_downloads w !! d) /\ 0 <= v <= 2 ^ 16
  end.

Lemma call_keeps k w w' : run_call k w = Ok w' -> keeps w w'.
Proof.
  destruct k as [c d b|c|c|c|[] c|c|c|q|d v|d v]; cbn [run_call]; intros Hr.
  - res_inv. by apply keeps_set_peers.
  - by eapply keeps_cleanup.
  - by eapply keeps_set_queued.
  - by eapply keeps_set_not_queued.
  - by eapply keeps_set_snubbed.
  - by eapply keeps_set_not_snubbed.
  - by eapply keeps_read_choke.
  - by eapply keeps_read_unchoke.
  - by eapply keeps_balance.
  - by eapply keeps_set_slots_max.
  - by eapply keeps_set_slots_min.
Qed.

Lemma call_ok k w : world_ok w -> call_allowed k w -> exists w', run_call k w = Ok w' /\ world_ok w'.
Proof.
  intros Hw. destruct k as [c d b|c|c|c|[] c|c|c|q|d v|d v]; cbn [run_call call_allowed set_upload_snubbed].
  - intros (Hc & Hd & Hf). eexists; split; [done|]. by apply connect_ok.
  - intros [p Hp]. destruct (cleanup_ok w c p Hw Hp) as (w' & ? & ? & _). eauto.
  - intros (p & Hp & Hu). by apply (set_queued_ok w c p).
  - intros [p Hp]. by apply (set_not_queued_ok w c p).
  - intros [p Hp]. by apply (set_snubbed_ok w c p).
  - intros [p Hp]. by apply (set_not_snubbed_ok w c p).
  - intros [p Hp]. by apply (read_choke_ok w c p).
  - intros [p Hp]. by apply (read_unchoke_ok w c p).
  - intros [[cq Hq] Hr]. by apply (balance_spec w q cq).
  - intros [[x Hx] Hv]. destruct (set_slots_max_ok w d x v Hw Hx Hv) as (w' & x' & ? & ? & _). eauto.
  - intros [[x Hx] Hv]. destruct (set_slots_min_ok w d x v Hw Hx Hv) as (w' & x' & ? & ? & _). eauto.
Qed.

End facts.

(** *** Theorems *)

(** C34: The slot allocation of the choke queue always ends, and is exact: for
    positive weights it hands out [max] slots, or one to every connection of
    the range when there are fewer, never more to an order than the order
    holds, over consecutive ranges that cover the container. *)
Theorem allocate_slots_exact random l first last max weights : 0 <= random -> (first <= last <= length l)%nat ->
  zlen l < 2 ^ 31 -> Forall (fun v => is_u32 (wc_weight v)) l ->
  length weights = order_max_size -> Forall (fun w => 0 < w < 2 ^ 16) weights -> is_u32 max ->
  exists os, choke_manager_allocate_slots random l first last max weights = Ok os
    /\ chain first last os /\ Forall (fun o => 0 <= o_first o <= o_size o) os
    /\ given os = Z.min max (Z.of_nat last - Z.of_nat first).
Proof.
  intros Hr Hl Hlen Hw Hwl Hws Hm. destruct (allocate_exact random l first last max weights) as (os & Heq & Hc & Hok & _ & Hg); [done..|].
  exists os. split_and!; try done. eapply Forall_impl; [exact Hok|]. intros o Ho. apply Ho.
Qed.

Lemma allocate_slots_exact_witness : exists os,
  choke_manager_allocate_slots 5 [WC 0 10; WC 1 20; WC 2 (2 ^ 30 + 1); WC 3 (3 * 2 ^ 30)] 0 4 3 [1; 3; 6; 9] = Ok os
    /\ chain 0 4 os /\ Forall (fun o => 0 <= o_first o <= o_size o) os /\ given os = 3.
Proof.
  apply (allocate_slots_exact 5 [WC 0 10; WC 1 20; WC 2 (2 ^ 30 + 1); WC 3 (3 * 2 ^ 30)] 0 4 3 [1; 3; 6; 9]);
    [lia|cbn; lia|done|repeat constructor; done|done|repeat constructor; lia|unfold is_u32; lia].
Defined.

(** A cycle of a choke queue never throws, reports the change of the
    queue's own count, leaves the other queues alone, and ends within the
    quota and the limit of the queue, unless the minimum slots of its
    downloads ask for more. *)
Theorem cycle_within_quota `{!Sorter} is_up env q cq quota w : world_ok is_up w -> w_queues w !! q = Some cq -> is_u32 quota ->
  (forall n, 0 <= env_random env n) ->
  exists n w' cq', cycle is_up env q quota w = Ok (n, w') /\ world_inv is_up n w' /\ w_queues w' !! q = Some cq'
    /\ (forall q', q' <> q -> w_queues w' !! q' = w_queues w !! q')
    /\ size_unchoked cq' = size_unchoked cq + n
    /\ size_unchoked cq' <= Z.max (Z.min quota (cq_max_unchoked cq)) (zsum (min_of (w_downloads w')) (cq_group_container cq)).
Proof.
  intros Hw Hq Hqt Hr. destruct (cycle_spec is_up env 0 q cq quota w Hw Hq Hqt Hr) as (n & w' & cq' & Heq & Hw' & Hev & Hq' & _ & Hn & Hb).
  exists n, w', cq'. split_and!; try done. apply Hev.
Qed.

(** Changing the limits of a download rebalances it: afterwards it has no
    more unchoked connections than its maximum, and its minimum of them
    unless it has no queued connection left. *)
Theorem balance_entry_limits `{!Sorter} is_up env d x w : world_ok is_up w -> w_downloads w !! d = Some x ->
  exists w' x', balance_entry is_up env (dl_group x) d w = Ok w' /\ world_ok is_up w' /\ w_downloads w' !! d = Some x'
    /\ limits x' = limits x
    /\ zlen (ge_unchoked (dl_entry x')) <= ge_max_slots (dl_entry x)
    /\ (ge_queued (dl_entry x') = [] \/ Z.min (ge_min_slots (dl_entry x)) (ge_max_slots (dl_entry x)) <= zlen (ge_unchoked (dl_entry x'))).
Proof. apply balance_entry_spec. Qed.

(** *** A concrete side *)

#[export] Program Instance merge_sorter : Sorter := {
  sort_by A key l := merge_sort (key_le key) l;
}.
Next Obligation. intros. apply merge_sort_Permutation. Qed.
Next Obligation. intros A key l. apply (StronglySorted_merge_sort (key_le key)). Qed.

Definition quiet : environment :=
  Env (100 * 1000000) (fun _ => 7) (fun _ => 0) (fun _ => 0) (fun _ => false) (fun _ => false) (fun _ => 0).

(** Two downloads of one group, the first with a queued connection 0 and an
    unchoked connection 1. *)
Definition sample_world : world :=
  World {[ 0%nat := Peer (CS 0 true false false 0) false true true false false;
           1%nat := Peer (CS 0 true true false 0) true true true false false ]}
        {[ 0%nat := Download 0 (GE 2 0 [WC 0 0] [WC 1 0]) 1; 1%nat := Download 0 (GE 2 0 [] []) 0 ]}
        [CQ 0 HEURISTICS_UPLOAD_LEECH unlimited 1 1 [0%nat; 1%nat]] 1 0 0.

Lemma sample_ok is_up : world_ok is_up sample_world.
Proof.
  assert (Hpl : places_of (w_peers sample_world) = {[ 0%nat := (0%nat, false); 1%nat := (0%nat, true) ]}) by (vm_compute; reflexivity).
  assert (Hlk : forall c v, ({[ 0%nat := (0%nat, false); 1%nat := (0%nat, true) ]} : places) !! c = Some v <->
            (c = 0%nat /\ v = (0%nat, false)) \/ (c = 1%nat /\ v = (0%nat, true))).
  { intros c v. rewrite lookup_insert_Some, lookup_singleton_Some. naive_solver. }
  assert (Hdl : forall d x, w_downloads sample_world !! d = Some x ->
            (d = 0%nat /\ x = Download 0 (GE 2 0 [WC 0 0] [WC 1 0]) 1) \/ (d = 1%nat /\ x = Download 0 (GE 2 0 [] []) 0)).
  { intros d x. cbn. rewrite lookup_insert_Some, lookup_singleton_Some. naive_solver. }
  constructor; [rewrite Hpl; constructor| | |].
  - intros d x Hx%Hdl. destruct Hx as [[-> ->]|[-> ->]]; constructor; cbn; try done;
      try (intros c; rewrite Hlk, ?list_elem_of_singleton, ?elem_of_nil; naive_solver);
      try (repeat constructor; by rewrite ?elem_of_nil); try (unfold is_u32; lia);
      try (repeat constructor; cbn; unfold is_u32; lia).
    all: first [apply NoDup_singleton|eexists; split; [done|]; cbn; set_solver].
  - intros c d b. rewrite Hlk. intros [[-> [= -> ->]]|[-> [= -> ->]]]; vm_compute; eauto.
  - intros [|q] cq; [|done]. intros [= <-]. constructor; cbn; try done.
    + apply NoDup_cons. split; [set_solver|apply NoDup_singleton].
    + intros d Hd. apply elem_of_cons in Hd as [->|Hd%list_elem_of_singleton]; [by eexists|subst; by eexists].
  - vm_compute. reflexivity.
  - cbn. lia.
  - vm_compute. reflexivity.
  - vm_compute. reflexivity.
  - intros d x Hx%Hdl. by destruct Hx as [[-> ->]|[-> ->]].
  - intros c p. cbn. rewrite lookup_insert_Some, lookup_singleton_Some.
    intros [[<- <-]|[_ [<- <-]]]; (split; [done|by eexists]).
  - vm_compute. reflexivity.
Qed.

Lemma cycle_within_quota_witness : exists n w' cq', cycle true quiet 0 1 sample_world = Ok (n, w') /\ world_inv true n w'
    /\ w_queues w' !! 0%nat = Some cq' /\ (forall q', q' <> 0%nat -> w_queues w' !! q' = w_queues sample_world !! q')
    /\ size_unchoked cq' = 1 + n /\ size_unchoked cq' <= Z.max 1 (zsum (min_of (w_downloads w')) [0%nat; 1%nat]).
Proof.
  apply (cycle_within_quota true quiet 0 (CQ 0 HEURISTICS_UPLOAD_LEECH unlimited 1 1 [0%nat; 1%nat]) 1 sample_world);
    [apply sample_ok|done|unfold is_u32; lia|cbn; lia].
Defined.

Lemma balance_entry_limits_witness : exists w' x', balance_entry true quiet 0 0 sample_world = Ok w' /\ world_ok true w'
    /\ w_downloads w' !! 0%nat = Some x' /\ limits x' = (0%nat, 2, 0) /\ zlen (ge_unchoked (dl_entry x')) <= 2
    /\ (ge_queued (dl_entry x') = [] \/ Z.min 0 2 <= zlen (ge_unchoked (dl_entry x'))).
Proof.
  apply (balance_entry_limits true quiet 0 (Download 0 (GE 2 0 [WC 0 0] [WC 1 0]) 1) sample_world); [apply sample_ok|done].
Defined.

End ChokeQueue.
