(* ===== verification/ResourceManager.v ===== *)
(** * The resource manager and its choke groups
      (src/torrent/download/resource_manager.cc, choke_group.h)

    A manager keeps the downloads sorted by choke group, a range of them per
    group, and for each side the counter of unchoked connections, which its
    groups' queues report to; [receive_tick] shares the slots between the
    groups.  The two sides are two worlds of [ChokeQueue].

    A pointer into the vector of entries is an offset from its storage; the
    vector has no storage, and its iterators are null, until the first
    insertion. *)

From S2P Require Import Prelude ChokeQueue.
Import GroupEntry AllocateSlots ChokeQueue.
Open Scope Z_scope.

Module ResourceManager.

Record resource_manager_entry := RE { re_download : nat; re_priority : Z; re_group : nat }.

Inductive tracker_mode_enum := TRACKER_MODE_NORMAL | TRACKER_MODE_AGGRESSIVE.

(** [choke_group] without its queues, which are those of the two worlds. *)
Record choke_group := CG {
  cg_name : string;
  cg_tracker_mode : tracker_mode_enum;
  cg_first : option Z;
  cg_last : option Z;
}.

Record manager := RM {
  rm_up : world;
  rm_down : world;
  rm_entries : list resource_manager_entry;
  rm_storage : bool;
  rm_groups : list choke_group;
}.

Definition set_up (w : world) (m : manager) : manager := RM w (rm_down m) (rm_entries m) (rm_storage m) (rm_groups m).
Definition set_down (w : world) (m : manager) : manager := RM (rm_up m) w (rm_entries m) (rm_storage m) (rm_groups m).
Definition set_entries (l : list resource_manager_entry) (m : manager) : manager :=
  RM (rm_up m) (rm_down m) l (rm_storage m) (rm_groups m).
Definition set_groups (l : list choke_group) (m : manager) : manager :=
  RM (rm_up m) (rm_down m) (rm_entries m) (rm_storage m) l.

Definition set_first (p : option Z) (g : choke_group) : choke_group := CG (cg_name g) (cg_tracker_mode g) p (cg_last g).
Definition set_last (p : option Z) (g : choke_group) : choke_group := CG (cg_name g) (cg_tracker_mode g) (cg_first g) p.
Definition set_tracker_mode (t : tracker_mode_enum) (g : choke_group) : choke_group := CG (cg_name g) t (cg_first g) (cg_last g).

(** [ptr + n]; arithmetic on a null pointer is undefined. *)
Definition ptr_add (p : option Z) (n : Z) : res (option Z) :=
  match p with Some i => Ok (Some (i + n)) | None => UB end.

(** [inc_iterators] and [dec_iterators]. *)
Definition move_iterators (n : Z) (g : choke_group) : res choke_group :=
  f ← ptr_add (cg_first g) n;
  l ← ptr_add (cg_last g) n;
  Ok (set_last l (set_first f g)).

Definition move_last (n : Z) (g : choke_group) : res choke_group := l ← ptr_add (cg_last g) n; Ok (set_last l g).
Definition move_first (n : Z) (g : choke_group) : res choke_group := f ← ptr_add (cg_first g) n; Ok (set_first f g).

(** [std::to_address(begin() + n)] *)
Definition to_address (m : manager) (n : nat) : option Z := if rm_storage m then Some (Z.of_nat n) else None.

Definition group_empty (g : choke_group) : bool := bool_decide (cg_first g = cg_last g).
Definition group_size (g : choke_group) : Z :=
  match cg_first g, cg_last g with Some a, Some b => u32 (b - a) | _, _ => 0 end.

Definition requested (cq : choke_queue) : Z := Z.min (size_total cq) (cq_max_unchoked cq).

(** The sum of the rates of the entries between the iterators. *)
Definition group_rate (rate : nat -> Z) (m : manager) (g : choke_group) : Z :=
  match cg_first g, cg_last g with
  | Some a, Some b =>
    foldl (fun t e => u64 (t + rate (re_download e))) 0 (take (Z.to_nat b - Z.to_nat a) (drop (Z.to_nat a) (rm_entries m)))
  | _, _ => 0
  end.

(** ** Looking up *)

Definition find (d : nat) (m : manager) : option nat :=
  fst <$> list_find (fun e => re_download e = d) (rm_entries m).

Definition find_throw (d : nat) (m : manager) : res nat :=
  match find d m with Some i => Ok i | None => Throw input_error end.

(** [std::find_if] for the first entry of a group after [g], from [pos]. *)
Definition find_after (g : nat) (l : list resource_manager_entry) (pos : nat) : nat :=
  (pos + length (fst (find_split (fun e => (g <? re_group e)%nat) (drop pos l))))%nat.

Definition find_group_end (g : nat) (m : manager) : nat := find_after g (rm_entries m) 0.

Definition group_at (g : nat) (m : manager) : res choke_group :=
  match rm_groups m !! g with Some x => Ok x | None => Throw input_error end.

Definition find_name (name : string) (m : manager) : option nat :=
  fst <$> list_find (fun g => cg_name g = name) (rm_groups m).

Definition group_at_name (name : string) (m : manager) : res choke_group :=
  match find_name name m with Some i => of_deref (rm_groups m !! i) | None => Throw input_error end.

Definition group_index_of (name : string) (m : manager) : res nat :=
  match find_name name m with Some i => Ok i | None => Throw input_error end.

Definition total_weight (m : manager) : Z := foldl (fun t e => u32 (t + re_priority e)) 0 (rm_entries m).

(** ** Iterators *)

Fixpoint update_from (m : manager) (i pos : nat) (gs : list choke_group) : list choke_group :=
  match gs with
  | [] => []
  | g :: gs =>
    let next := find_after i (rm_entries m) pos in
    set_last (to_address m next) (set_first (to_address m pos) g) :: update_from m (S i) next gs
  end.

Definition update_group_iterators (m : manager) : manager := set_groups (update_from m 0 0 (rm_groups m)) m.

Fixpoint validate_from (m : manager) (i pos : nat) (gs : list choke_group) : res unit :=
  match gs with
  | [] => Ok tt
  | g :: gs =>
    _ ← throw_when (negb (bool_decide (cg_first g = to_address m pos))) internal_error;
    let next := find_after i (rm_entries m) pos in
    _ ← throw_when (negb (bool_decide (cg_last g = to_address m next))) internal_error;
    validate_from m (S i) next gs
  end.

Definition validate_group_iterators (m : manager) : res unit := validate_from m 0 0 (rm_groups m).

(** [std::for_each] over the groups [lo, hi). *)
Fixpoint for_groups (f : choke_group -> res choke_group) (lo n : nat) (gs : list choke_group) : res (list choke_group) :=
  match n with
  | O => Ok gs
  | S n =>
    g ← of_deref (gs !! lo);
    g ← f g;
    for_groups f (S lo) n (<[lo := g]> gs)
  end.

Definition update_group (f : choke_group -> res choke_group) (i : nat) (gs : list choke_group) : res (list choke_group) :=
  for_groups f i 1 gs.

(** ** Changing the groups *)

(** [DownloadMain::set_choke_group], for both sides. *)
Definition set_choke_group (g d : nat) (w : world) : world :=
  set_downloads (alter (fun x => Download g (dl_entry x) (dl_unchoked x)) d (w_downloads w)) w.

(** A download that is not managed yet comes with its two group entries. *)
Definition adopt (d : nat) (e : group_entry) (w : world) : world :=
  set_downloads (<[d := Download 0 e 0]> (w_downloads w)) w.

Definition insert (entry : resource_manager_entry) (up down : group_entry) (m : manager) : res manager :=
  let pos := find_group_end (re_group entry) m in
  let d := re_download entry in
  let m := RM (adopt d up (rm_up m)) (adopt d down (rm_down m))
              (take pos (rm_entries m) ++ entry :: drop pos (rm_entries m)) true (rm_groups m) in
  _ ← throw_when (negb (re_group entry <? length (rm_groups m))%nat) out_of_range;
  let m := set_down (set_choke_group (re_group entry) d (rm_down m)) (set_up (set_choke_group (re_group entry) d (rm_up m)) m) in
  let m := update_group_iterators m in
  _ ← group_at (re_group entry) m;
  u ← move_connections None (Some (re_group entry)) d (rm_up m);
  _ ← group_at (re_group entry) m;
  v ← move_connections None (Some (re_group entry)) d (rm_down m);
  Ok (set_down v (set_up u m)).

(** The download leaves the worlds: it is no longer the manager's. *)
Definition release (d : nat) (w : world) : world := set_downloads (delete d (w_downloads w)) w.

Definition erase (d : nat) (m : manager) : res manager :=
  match find d m with
  | None => Throw internal_error
  | Some i =>
    e ← of_deref (rm_entries m !! i);
    _ ← group_at (re_group e) m;
    u ← move_connections (Some (re_group e)) None d (rm_up m);
    _ ← group_at (re_group e) m;
    v ← move_connections (Some (re_group e)) None d (rm_down m);
    gs ← update_group (move_last (-1)) (re_group e) (rm_groups m);
    gs ← for_groups (move_iterators (-1)) (S (re_group e)) (length gs - S (re_group e)) gs;
    Ok (RM (release d u) (release d v) (delete i (rm_entries m)) (rm_storage m) gs)
  end.

Definition push_group (name : string) (m : manager) : res manager :=
  _ ← throw_when (bool_decide (name = String.EmptyString) || existsb (fun g => bool_decide (cg_name g = name)) (rm_groups m)) input_error;
  let end_ := match rm_entries m with [] => None | _ => Some (zlen (rm_entries m)) end in
  let g := CG name TRACKER_MODE_NORMAL end_ end_ in
  let up := new_queue 0 HEURISTICS_UPLOAD_LEECH in
  let down := new_queue flag_unchoke_all_new HEURISTICS_DOWNLOAD_LEECH in
  Ok (RM (set_queues (w_queues (rm_up m) ++ [up]) (rm_up m)) (set_queues (w_queues (rm_down m) ++ [down]) (rm_down m))
         (rm_entries m) (rm_storage m) (rm_groups m ++ [g])).

Definition set_priority (i : nat) (pri : Z) (m : manager) : manager :=
  set_entries (alter (fun e => RE (re_download e) pri (re_group e)) i (rm_entries m)) m.

Definition set_group (i grp : nat) (m : manager) : res manager :=
  e ← of_deref (rm_entries m !! i);
  if (re_group e =? grp)%nat then Ok m
  else
    _ ← throw_when (length (rm_groups m) <=? grp)%nat input_error;
    let d := re_download e in
    x ← of_deref (w_downloads (rm_up m) !! d);
    y ← of_deref (w_downloads (rm_down m) !! d);
    u ← move_connections (Some (dl_group x)) (Some grp) d (rm_up m);
    v ← move_connections (Some (dl_group y)) (Some grp) d (rm_down m);
    let src := re_group e in
    let entries := delete i (rm_entries m) in
    let pos := find_after grp entries 0 in
    let entries := take pos entries ++ RE d (re_priority e) grp :: drop pos entries in
    gs ← (if (grp <? src)%nat then
            gs ← update_group (move_last 1) grp (rm_groups m);
            gs ← for_groups (move_iterators 1) (S grp) (src - S grp) gs;
            update_group (move_first 1) src gs
          else
            gs ← update_group (move_last (-1)) src (rm_groups m);
            gs ← for_groups (move_iterators (-1)) (S src) (grp - S src) gs;
            update_group (move_first (-1)) grp gs);
    Ok (RM (set_choke_group grp d u) (set_choke_group grp d v) entries (rm_storage m) gs).

Definition set_max_unchoked_slots (n : Z) (w : world) : res world :=
  _ ← throw_when (2 ^ 20 <? n) input_error;
  Ok (World (w_peers w) (w_downloads w) (w_queues w) (w_currently w) n (w_random w)).

Definition set_max_upload_unchoked (n : Z) (m : manager) : res manager :=
  w ← set_max_unchoked_slots n (rm_up m); Ok (set_up w m).
Definition set_max_download_unchoked (n : Z) (m : manager) : res manager :=
  w ← set_max_unchoked_slots n (rm_down m); Ok (set_down w m).

(** ** The tick *)

Section tick.
Context `{!Sorter}.
Variable is_up : bool.
Variable env : environment.

Fixpoint cycle_all (qs : list nat) (change : Z) (w : world) : res (Z * world) :=
  match qs with
  | [] => Ok (change, w)
  | q :: qs =>
    '(n, w) ← cycle is_up env q (2 ^ 32 - 1) w;
    cycle_all qs (change + n) w
  end.

Fixpoint cycle_quota (qs : list nat) (quota weight change : Z) (w : world) : res (Z * Z * world) :=
  match qs with
  | [] => Ok (change, weight, w)
  | q :: qs =>
    '(n, w) ← cycle is_up env q (if weight =? 0 then 0 else quota / weight) w;
    cq ← of_deref (w_queues w !! q);
    cycle_quota qs (u32 (quota - size_unchoked cq)) (u32 (weight - 1)) (change + n) w
  end.

Definition balance_unchoked (weight max_unchoked : Z) (w : world) : res (Z * world) :=
  if max_unchoked =? 0 then cycle_all (seq 0 (length (w_queues w))) 0 w
  else
    let groups := sort_by (fun q => from_option requested 0 (w_queues w !! q)) (seq 0 (length (w_queues w))) in
    '(change, weight, w) ← cycle_quota groups max_unchoked weight 0 w;
    _ ← throw_when (negb (weight =? 0)) internal_error;
    Ok (change, w).

Definition tick_side (w : world) : res world :=
  '(n, w) ← balance_unchoked (zlen (w_queues w)) (w_max w) w;
  Ok (set_currently (u32 (w_currently w + n)) w).

Definition total_unchoked (w : world) : Z := foldl (fun t cq => u32 (t + size_unchoked cq)) 0 (w_queues w).

End tick.

Definition receive_tick `{!Sorter} (up_env down_env : environment) (m : manager) : res manager :=
  _ ← validate_group_iterators m;
  u ← tick_side true up_env (rm_up m);
  v ← tick_side false down_env (rm_down m);
  _ ← throw_when (negb (w_currently u =? total_unchoked u)) internal_error;
  _ ← throw_when (negb (w_currently v =? total_unchoked v)) internal_error;
  Ok (set_down v (set_up u m)).

(** ** The tick keeps the counter *)

Section tick_facts.
Context `{!Sorter}.
Variable is_up : bool.
Variable env : environment.
Hypothesis random_nonneg : forall n, 0 <= env_random env n.

Lemma evolves_length q w w' : evolves q w w' -> is_Some (w_queues w !! q) -> length (w_queues w') = length (w_queues w).
Proof.
  intros Hev [cq Hcq]. destruct (ev_queue _ _ _ Hev _ Hcq) as (cq' & Hcq' & _).
  assert (Hs : forall i, is_Some (w_queues w' !! i) <-> is_Some (w_queues w !! i)).
  { intros i. destruct (decide (i = q)) as [->|]; [rewrite Hcq, Hcq'; by split; eauto|]. by rewrite (ev_other _ _ _ Hev). }
  assert (Hlt : forall i, (i < length (w_queues w'))%nat <-> (i < length (w_queues w))%nat).
  { intros i. rewrite <- !lookup_lt_is_Some. apply Hs. }
  pose proof (Hlt (length (w_queues w))). pose proof (Hlt (length (w_queues w'))). lia.
Qed.

(** What the two loops keep besides the invariant. *)
Record ticks (w w' : world) : Prop := {
  tk_length : length (w_queues w') = length (w_queues w);
  tk_currently : w_currently w' = w_currently w;
  tk_max : w_max w' = w_max w;
  tk_downloads : forall d x, w_downloads w !! d = Some x -> exists x', w_downloads w' !! d = Some x' /\ limits x' = limits x;
}.

Lemma ticks_refl w : ticks w w.
Proof. constructor; eauto. Qed.

Lemma ticks_trans w1 w2 w3 : ticks w1 w2 -> ticks w2 w3 -> ticks w1 w3.
Proof.
  intros [? ? ? Hd1] [? ? ? Hd2]. constructor; [congruence..|]. intros d x Hx. destruct (Hd1 _ _ Hx) as (x1 & Hx1 & Hl1).
  destruct (Hd2 _ _ Hx1) as (x2 & Hx2 & Hl2). exists x2. split; [done|congruence].
Qed.

Lemma evolves_ticks q w w' : evolves q w w' -> is_Some (w_queues w !! q) -> ticks w w'.
Proof.
  intros Hev Hq. constructor; [by eapply evolves_length|apply Hev|apply Hev|]. intros d x Hx.
  destruct (ev_download _ _ _ Hev _ _ Hx) as (x' & Hx' & Hl & _). eauto.
Qed.

(** No download of any group asks for a minimum of slots. *)
Definition no_minimum (w : world) : Prop :=
  forall q cq d, w_queues w !! q = Some cq -> d ∈ cq_group_container cq -> min_of (w_downloads w) d <= 0.

Lemma no_minimum_evolves k q w w' : world_inv is_up k w -> evolves q w w' -> is_Some (w_queues w !! q) -> no_minimum w -> no_minimum w'.
Proof.
  intros Hw Hev [cq Hcq] Hm q1 cq1 d Hcq1 Hd.
  assert (Hold : exists cq0, w_queues w !! q1 = Some cq0 /\ cq_group_container cq0 = cq_group_container cq1).
  { destruct (decide (q1 = q)) as [->|]; [|rewrite (ev_other _ _ _ Hev) in Hcq1 by done; eauto].
    destruct (ev_queue _ _ _ Hev _ Hcq) as (cq2 & Hcq2 & Hst). exists cq. unfold static in Hst. split; [done|congruence]. }
  destruct Hold as (cq0 & Hcq0 & Hcon). rewrite <- Hcon in Hd.
  destruct (qo_groups _ _ _ (lo_queue _ _ _ (wi_lists _ _ _ Hw) _ _ Hcq0) _ Hd) as (x & Hx & _).
  rewrite (min_of_evolves q w w' d Hev) by (by rewrite Hx). by apply (Hm q1 cq0).
Qed.

Lemma cycle_all_ok qs k change w : world_inv is_up k w -> Forall (fun q => (q < length (w_queues w))%nat) qs ->
  exists n w', cycle_all is_up env qs change w = Ok (change + n, w') /\ world_inv is_up (k + n) w' /\ ticks w w'.
Proof.
  revert k change w. induction qs as [|q qs IH]; intros k change w Hw Hqs; cbn [cycle_all].
  - exists 0, w. rewrite !Z.add_0_r. split_and!; try done. apply ticks_refl.
  - apply Forall_cons in Hqs as [Hq Hqs]. destruct (lookup_lt_is_Some_2 _ _ Hq) as [cq Hcq].
    destruct (cycle_spec is_up env k q cq (2 ^ 32 - 1) w Hw Hcq) as (n & w1 & cq1 & -> & Hw1 & Hev & _); [unfold is_u32; lia|done|].
    res_simpl. assert (Ht1 : ticks w w1) by (eapply evolves_ticks; eauto).
    destruct (IH (k + n) (change + n) w1 Hw1) as (n' & w' & -> & Hw' & Ht').
    { by rewrite (tk_length _ _ Ht1). }
    exists (n + n'), w'. split_and!; [do 2 f_equal; lia|by rewrite Z.add_assoc|by eapply ticks_trans].
Qed.

Lemma cycle_quota_ok qs k quota change w : world_inv is_up k w -> NoDup qs -> Forall (fun q => (q < length (w_queues w))%nat) qs ->
  zlen qs < 2 ^ 32 -> is_u32 quota ->
  exists n w', cycle_quota is_up env qs quota (zlen qs) change w = Ok (change + n, 0, w') /\ world_inv is_up (k + n) w' /\ ticks w w'
    /\ (forall q, q ∉ qs -> w_queues w' !! q = w_queues w !! q)
    /\ (no_minimum w ->
        zsum (fun q => from_option cq_currently_unchoked 0 (w_queues w' !! q)) qs <= quota).
Proof.
  revert k quota change w. induction qs as [|q qs IH]; intros k quota change w Hw Hnd Hqs Hlen [Hq0 Hq1]; cbn [cycle_quota].
  - exists 0, w. rewrite !Z.add_0_r. split_and!; try done. apply ticks_refl.
  - apply Forall_cons in Hqs as [Hq Hqs]. destruct (lookup_lt_is_Some_2 _ _ Hq) as [cq Hcq]. apply NoDup_cons in Hnd as [Hqn Hnd].
    unfold zlen in Hlen |- *. cbn [length] in Hlen |- *. destruct (Z.eqb_spec (Z.of_nat (S (length qs))) 0) as [|_]; [lia|].
    assert (Hdiv : 0 <= quota / Z.of_nat (S (length qs)) <= quota).
    { split; [apply Z.div_pos; lia|]. apply Z.div_le_upper_bound; nia. }
    destruct (cycle_spec is_up env k q cq (quota / Z.of_nat (S (length qs))) w Hw Hcq) as (n & w1 & cq1 & -> & Hw1 & Hev & Hcq1 & Hst1 & Hn1 & Hb1);
      [unfold is_u32; lia|done|].
    res_simpl. rewrite Hcq1. res_simpl. assert (Ht1 : ticks w w1) by (eapply evolves_ticks; eauto).
    rewrite (u32_small (Z.of_nat (S (length qs)) - 1)) by lia. replace (Z.of_nat (S (length qs)) - 1) with (zlen qs) by (unfold zlen; lia).
    destruct (IH (k + n) (u32 (quota - size_unchoked cq1)) (change + n) w1 Hw1) as (n' & w' & -> & Hw' & Ht' & Hoth & Hbnd); try done.
    { by rewrite (tk_length _ _ Ht1). } { unfold zlen. lia. } { apply u32_range. }
    exists (n + n'), w'. split_and!; [do 3 f_equal; lia|by rewrite Z.add_assoc|by eapply ticks_trans| |].
    + intros q' [Hne Hq']%not_elem_of_cons. rewrite Hoth by done. by apply (ev_other _ _ _ Hev).
    + intros Hmin. unfold zsum. cbn [foldr]. fold (zsum (fun q => from_option cq_currently_unchoked 0 (w_queues w' !! q)) qs).
      rewrite (Hoth q Hqn), Hcq1. cbn [from_option].
      specialize (Hbnd (no_minimum_evolves _ _ _ _ Hw Hev ltac:(eauto) Hmin)). unfold size_unchoked in Hbnd.
      destruct (queue_counts_small _ _ _ _ _ (wi_lists _ _ _ Hw1) Hcq1) as (_ & Hc0 & _).
      assert (Hz : zsum (min_of (w_downloads w1)) (cq_group_container cq) <= 0).
      { pose proof (no_minimum_evolves _ _ _ _ Hw Hev ltac:(eauto) Hmin q cq1) as Hm1.
        assert (cq_group_container cq1 = cq_group_container cq) as Hcon by (unfold static in Hst1; congruence). rewrite Hcon in Hm1.
        clear - Hm1 Hcq1. specialize (fun d => Hm1 d Hcq1). induction (cq_group_container cq) as [|d l IHl]; [done|]. unfold zsum in *. cbn [foldr].
        pose proof (Hm1 d ltac:(left)). specialize (IHl (fun d Hd => Hm1 d (list_elem_of_further _ _ _ Hd))). lia. }
      rewrite u32_small in Hbnd by lia. lia.
Qed.

Lemma zsum_seq {A} (f : A -> Z) (l l0 : list A) :
  zsum (fun q => from_option f 0 ((l0 ++ l) !! q)) (seq (length l0) (length l)) = zsum f l.
Proof.
  revert l0. induction l as [|a l IH]; intros l0; [done|]. cbn [length seq]. unfold zsum. cbn [foldr].
  fold (zsum f l). fold (zsum (fun q => from_option f 0 ((l0 ++ a :: l) !! q)) (seq (S (length l0)) (length l))).
  rewrite list_lookup_middle by done. cbn [from_option]. f_equal. rewrite <- (IH (l0 ++ [a])), <- app_assoc, length_app. cbn.
  by rewrite Nat.add_1_r.
Qed.

(** Settling the counter at the end of a tick. *)
Lemma tick_settles n w : world_inv is_up n w -> world_ok is_up (set_currently (u32 (w_currently w + n)) w).
Proof.
  intros Hw. pose proof (debt_small _ _ _ Hw). rewrite u32_small by lia. unfold world_ok. rewrite <- (Z.sub_diag n).
  apply set_currently_inv; [done|]. apply (slot_unchoke_spec n _ w n (wi_lists _ _ _ Hw)). lia.
Qed.

Lemma tick_side_spec w : world_ok is_up w -> zlen (w_queues w) < 2 ^ 32 -> is_u32 (w_max w) ->
  exists w', tick_side is_up env w = Ok w' /\ world_ok is_up w' /\ length (w_queues w') = length (w_queues w) /\ w_max w' = w_max w
    /\ (forall d x, w_downloads w !! d = Some x -> exists x', w_downloads w' !! d = Some x' /\ limits x' = limits x)
    /\ (w_max w <> 0 -> no_minimum w -> w_currently w' <= w_max w).
Proof.
  intros Hw Hlen Hmax. unfold tick_side, balance_unchoked. destruct (Z.eqb_spec (w_max w) 0) as [Hz|Hnz].
  - destruct (cycle_all_ok (seq 0 (length (w_queues w))) 0 0 w Hw) as (n & w1 & -> & Hw1 & Ht).
    { apply Forall_forall. intros q Hq%elem_of_seq. lia. }
    res_simpl. rewrite Z.add_0_l in *. eexists; split; [done|]. split_and!; [by apply tick_settles|apply Ht|apply Ht|apply Ht|done].
  - set (groups := sort_by _ _). assert (Hperm : Permutation groups (seq 0 (length (w_queues w)))) by apply sort_by_perm.
    assert (Hgl : zlen groups = zlen (w_queues w)) by (unfold zlen; by rewrite Hperm, length_seq).
    rewrite <- Hgl.
    destruct (cycle_quota_ok groups 0 (w_max w) 0 w Hw) as (n & w1 & -> & Hw1 & Ht & _ & Hb).
    { rewrite Hperm. apply NoDup_seq. } { rewrite Hperm. apply Forall_forall. intros q Hq%elem_of_seq. lia. } { lia. } { done. }
    res_simpl. rewrite Z.add_0_l in *. eexists; split; [done|]. split_and!; [by apply tick_settles|apply Ht|apply Ht|apply Ht|].
    intros _ Hno. specialize (Hb Hno). rewrite (zsum_perm _ _ _ Hperm) in Hb.
    pose proof (zsum_seq cq_currently_unchoked (w_queues w1) []) as Hsum. cbn [app length] in Hsum.
    rewrite (tk_length _ _ Ht) in Hsum. rewrite Hsum, <- (lo_total _ _ _ (wi_lists _ _ _ Hw1)) in Hb.
    pose proof (debt_small _ _ _ Hw1). cbn. rewrite u32_small by lia. done.
Qed.

End tick_facts.

(** ** Downloads joining, leaving and changing queues *)

Section move_facts.
Variable is_up : bool.

Definition empty_entry (e : group_entry) : Prop :=
  ge_queued e = [] /\ ge_unchoked e = [] /\ is_u32 (ge_max_slots e) /\ is_u32 (ge_min_slots e).

Lemma count_in_new f dls d x l : d ∉ l -> zsum (count_in f (<[d := x]> dls)) l = zsum (count_in f dls) l.
Proof. apply count_in_insert_other. Qed.

Lemma not_in_container k pl w q cq d : lists_ok k pl w -> w_queues w !! q = Some cq -> w_downloads w !! d = None ->
  d ∉ cq_group_container cq.
Proof. intros Hl Hq Hd Hin. destruct (qo_groups _ _ _ (lo_queue _ _ _ Hl _ _ Hq) _ Hin) as (x & Hx & _). congruence. Qed.

Lemma queue_replaced (qs : list choke_queue) q cq l : qs !! q = Some cq ->
  zsum cq_currently_unchoked (<[q := set_group_container l cq]> qs) = zsum cq_currently_unchoked qs
  /\ zsum (fun c => cq_currently_queued c + cq_currently_unchoked c) (<[q := set_group_container l cq]> qs)
     = zsum (fun c => cq_currently_queued c + cq_currently_unchoked c) qs.
Proof. intros Hq. rewrite !(zsum_insert _ _ _ cq) by done. cbn. lia. Qed.

(** The final state of [insert] on one side. *)
Lemma join_ok w w' d g e cq : world_ok is_up w -> w_downloads w !! d = None -> empty_entry e -> w_queues w !! g = Some cq ->
  w_peers w' = w_peers w -> w_downloads w' = <[d := Download g e 0]> (w_downloads w) ->
  w_queues w' = <[g := set_group_container (cq_group_container cq ++ [d]) cq]> (w_queues w) ->
  w_currently w' = w_currently w -> world_ok is_up w'.
Proof.
  intros Hw Hd (Heq & Heu & Hmx & Hmn) Hcq Hp' Hd' Hq' Hc'. pose proof (wi_lists _ _ _ Hw) as Hl.
  assert (Hnp : forall c b, places_of (w_peers w) !! c <> Some (d, b)).
  { intros c b Hc. destruct (lo_place _ _ _ Hl _ _ _ Hc) as [x Hx]. congruence. }
  assert (Hdn : d ∉ cq_group_container cq) by (by eapply not_in_container).
  assert (Hglt : (g < length (w_queues w))%nat) by (by apply lookup_lt_Some in Hcq).
  destruct (queue_replaced _ _ _ (cq_group_container cq ++ [d]) Hcq) as [Hz1 Hz2].
  apply (world_inv_lists is_up 0 0 w); try done.
  - constructor; rewrite ?Hd', ?Hq', ?Hc', ?Hz1, ?Hz2; try apply Hl.
    + intros d1 x1. destruct (decide (d1 = d)) as [->|Hne].
      * rewrite lookup_insert_eq. intros [= <-]. constructor; cbn; rewrite ?Heq, ?Heu; try done; try constructor;
          try (intros Hin; first [by apply elem_of_nil in Hin|by apply Hnp in Hin]).
        eexists. rewrite list_lookup_insert_eq by done. split; [done|]. cbn. apply elem_of_app. right. by apply list_elem_of_singleton.
      * rewrite lookup_insert_ne by done. intros Hx1. destruct (lo_entry _ _ _ Hl _ _ Hx1) as [? ? ? ? ? ? ? ? (cq1 & Hcq1 & Hin1)].
        constructor; try done. destruct (decide (dl_group x1 = g)) as [Hg|].
        -- rewrite Hg in *. rewrite list_lookup_insert_eq by done. eexists; split; [done|]. cbn. apply elem_of_app. left. congruence.
        -- rewrite list_lookup_insert_ne by done. eauto.
    + intros c d1 b Hc. destruct (decide (d1 = d)) as [->|]; [by apply Hnp in Hc|]. rewrite lookup_insert_ne by done. by apply (lo_place _ _ _ Hl) in Hc.
    + intros q cq1. destruct (decide (q = g)) as [->|Hne].
      * rewrite list_lookup_insert_eq by done. intros [= <-]. destruct (lo_queue _ _ _ Hl _ _ Hcq) as [Hnd Hgr Hqd Hun ? ?].
        constructor; cbn; try done.
        -- apply NoDup_app. split_and!; [done| |apply NoDup_singleton]. intros a Ha Ha2%list_elem_of_singleton. congruence.
        -- intros a [Ha| ->%list_elem_of_singleton]%elem_of_app; [|rewrite lookup_insert_eq; eauto].
           destruct (Hgr _ Ha) as (x & Hx & Hxg). rewrite lookup_insert_ne by congruence. eauto.
        -- rewrite zsum_snoc, count_in_new, Hqd by done. unfold count_in. rewrite lookup_insert_eq. cbn. rewrite Heq. unfold zlen; cbn; lia.
        -- rewrite zsum_snoc, count_in_new, Hun by done. unfold count_in. rewrite lookup_insert_eq. cbn. rewrite Heu. unfold zlen; cbn; lia.
      * rewrite list_lookup_insert_ne by done. intros Hq1. pose proof (not_in_container _ _ _ _ _ _ Hl Hq1 Hd) as Hd1.
        destruct (lo_queue _ _ _ Hl _ _ Hq1) as [Hnd Hgr Hqd Hun ? ?]. constructor; try done; rewrite ?count_in_new by done; try done.
        intros a Ha. destruct (Hgr _ Ha) as (x & Hx & Hxg). rewrite lookup_insert_ne by congruence. eauto.
  - intros d1 x1. rewrite Hd'. destruct (decide (d1 = d)) as [->|].
    + rewrite lookup_insert_eq. intros [= <-]. cbn. by rewrite Heu.
    + rewrite lookup_insert_ne by done. apply (wi_info _ _ _ Hw d1).
  - intros e1 He1. rewrite Hd'. destruct (decide (e1 = d)) as [->|]; [by rewrite lookup_insert_eq|by rewrite lookup_insert_ne].
Qed.

Lemma swap_pop_remove {A} (l : list A) i a : NoDup l -> l !! i = Some a ->
  NoDup (swap_pop i l) /\ (forall b, b ∈ swap_pop i l <-> b ∈ l /\ b <> a) /\ forall f, zsum f (swap_pop i l) = zsum f l - f a.
Proof.
  intros Hnd Hi. pose proof (take_drop_middle _ _ _ Hi) as Heq. apply lookup_lt_Some in Hi as Hlt.
  assert (Hp : Permutation (swap_pop i l) (take i l ++ drop (S i) l)).
  { rewrite <- Heq at 1. replace i with (length (take i l)) at 1 by (rewrite length_take; lia). apply swap_pop_perm. }
  assert (Hp2 : Permutation l (a :: swap_pop i l)).
  { rewrite Hp. rewrite <- Heq at 1. by rewrite Permutation_middle. }
  pose proof Hnd as Hnd'. rewrite Hp2 in Hnd'. apply NoDup_cons in Hnd' as [Ha Hnd']. split_and!; [done| |].
  - intros b. rewrite Hp2 at 2. rewrite elem_of_cons. split; [|tauto]. intros Hb. split; [by right|]. by intros ->.
  - intros f. rewrite (zsum_perm f _ _ Hp2). unfold zsum at 2. cbn [foldr]. fold (zsum f (swap_pop i l)). lia.
Qed.

Lemma find_container (l : list nat) d : d ∈ l -> exists i, list_find (fun x => x = d) l = Some (i, d) /\ l !! i = Some d.
Proof.
  intros (i & Hi)%list_elem_of_lookup. destruct (list_find (fun x => x = d) l) as [[j y]|] eqn:E.
  - pose proof E as (Hj & -> & _)%list_find_Some. eauto.
  - apply list_find_None in E. rewrite Forall_lookup in E. by apply E in Hi.
Qed.

(** The final state of [erase] on one side: a download without connections. *)
Lemma leave_ok w w' d x cq i : world_ok is_up w -> w_downloads w !! d = Some x ->
  (forall c p, w_peers w !! c = Some p -> cs_entry (pc_choke p) <> d) ->
  w_queues w !! dl_group x = Some cq -> cq_group_container cq !! i = Some d ->
  w_peers w' = w_peers w -> w_downloads w' = delete d (w_downloads w) ->
  w_queues w' = <[dl_group x := set_group_container (swap_pop i (cq_group_container cq)) cq]> (w_queues w) ->
  w_currently w' = w_currently w -> world_ok is_up w'.
Proof.
  intros Hw Hx Hnoc Hcq Hi Hp' Hd' Hq' Hc'. pose proof (wi_lists _ _ _ Hw) as Hl.
  assert (Hnp : forall c b, places_of (w_peers w) !! c <> Some (d, b)).
  { intros c b Hc. rewrite places_lookup in Hc. apply bind_Some in Hc as (p & Hp & Hpl). apply place_of_entry in Hpl. by apply (Hnoc c p). }
  pose proof (lo_entry _ _ _ Hl _ _ Hx) as Hent.
  assert (Hz : count_in ge_queued (w_downloads w) d = 0 /\ count_in ge_unchoked (w_downloads w) d = 0).
  { unfold count_in. rewrite Hx. cbn. unfold zlen.
    destruct (ge_queued (dl_entry x)) as [|v ?] eqn:E1.
    2:{ exfalso. apply (Hnp (wc_connection v) false), (eo_queued _ _ _ _ Hent). rewrite E1. left. }
    destruct (ge_unchoked (dl_entry x)) as [|v ?] eqn:E2; [done|].
    exfalso. apply (Hnp (wc_connection v) true), (eo_unchoked _ _ _ _ Hent). rewrite E2. left. }
  assert (Hglt : (dl_group x < length (w_queues w))%nat) by (by apply lookup_lt_Some in Hcq).
  destruct (lo_queue _ _ _ Hl _ _ Hcq) as [Hnd Hgr Hqd Hun Hmx Hhe].
  destruct (swap_pop_remove _ i d Hnd Hi) as (Hnd' & Hin' & Hsum').
  destruct (queue_replaced _ _ _ (swap_pop i (cq_group_container cq)) Hcq) as [Hz1 Hz2].
  assert (Hcd : forall f l, d ∉ l -> zsum (count_in f (delete d (w_downloads w))) l = zsum (count_in f (w_downloads w)) l).
  { intros f l Hdl. apply zsum_ext. intros a Ha. unfold count_in. rewrite lookup_delete_ne by congruence. done. }
  assert (Hdn : d ∉ swap_pop i (cq_group_container cq)) by (rewrite Hin'; naive_solver).
  constructor.
  - rewrite Hp'. constructor; rewrite ?Hd', ?Hq', ?Hc', ?Hz1, ?Hz2; try apply Hl.
    + intros d1 x1 [Hne Hx1]%lookup_delete_Some. destruct (lo_entry _ _ _ Hl _ _ Hx1) as [? ? ? ? ? ? ? ? (cq1 & Hcq1 & Hin1)].
      constructor; try done. destruct (decide (dl_group x1 = dl_group x)) as [Hg|].
      * rewrite Hg in *. rewrite list_lookup_insert_eq by done. eexists; split; [done|]. cbn. apply Hin'. split; [congruence|done].
      * rewrite list_lookup_insert_ne by done. eauto.
    + intros c d1 b Hc. rewrite lookup_delete_ne by (intros ->; by apply Hnp in Hc). by apply (lo_place _ _ _ Hl) in Hc.
    + intros q cq1. destruct (decide (q = dl_group x)) as [->|Hne].
      * rewrite list_lookup_insert_eq by done. intros [= <-]. constructor; cbn; try done.
        -- intros a [Ha Hne]%Hin'. destruct (Hgr _ Ha) as (xa & Hxa & Hga). rewrite lookup_delete_ne by done. eauto.
        -- rewrite Hcd, Hsum', Hqd by done. lia.
        -- rewrite Hcd, Hsum', Hun by done. lia.
      * rewrite list_lookup_insert_ne by done. intros Hq1. destruct (lo_queue _ _ _ Hl _ _ Hq1) as [Hnd1 Hgr1 Hqd1 Hun1 ? ?].
        assert (Hd1 : d ∉ cq_group_container cq1) by (intros Ha; destruct (Hgr1 _ Ha) as (xa & Hxa & Hga); congruence).
        constructor; try done; rewrite ?Hcd by done; try done.
        intros a Ha. destruct (Hgr1 _ Ha) as (xa & Hxa & Hga). rewrite lookup_delete_ne by congruence. eauto.
  - intros d1 x1. rewrite Hd'. intros [_ Hx1]%lookup_delete_Some. by apply (wi_info _ _ _ Hw d1).
  - intros c p. rewrite Hp', Hd'. intros Hc. destruct (wi_peers _ _ _ Hw _ _ Hc) as [Hok Hs]. split; [done|].
    rewrite lookup_delete_ne; [done|]. intros He. by apply (Hnoc c p).
  - rewrite Hp'. apply Hw.
Qed.

(** The final state of [set_group] on one side: the connections of the
    download are counted by the other queue. *)
Lemma switch_ok w w' d x g src dst i : world_ok is_up w -> w_downloads w !! d = Some x -> dl_group x <> g ->
  w_queues w !! dl_group x = Some src -> w_queues w !! g = Some dst -> cq_group_container src !! i = Some d ->
  let n := zlen (ge_queued (dl_entry x)) in let u := zlen (ge_unchoked (dl_entry x)) in
  w_peers w' = w_peers w -> w_downloads w' = <[d := Download g (dl_entry x) (dl_unchoked x)]> (w_downloads w) ->
  w_queues w' = <[g := set_counts (cq_currently_queued dst + n) (cq_currently_unchoked dst + u)
                         (set_group_container (cq_group_container dst ++ [d]) dst)]>
               (<[dl_group x := set_counts (cq_currently_queued src - n) (cq_currently_unchoked src - u)
                         (set_group_container (swap_pop i (cq_group_container src)) src)]> (w_queues w)) ->
  w_currently w' = w_currently w -> world_ok is_up w'.
Proof.
  intros Hw Hx Hgne Hsrc Hdst Hi n u Hp' Hd' Hq' Hc'. pose proof (wi_lists _ _ _ Hw) as Hl.
  assert (Hslt : (dl_group x < length (w_queues w))%nat) by (by apply lookup_lt_Some in Hsrc).
  assert (Hglt : (g < length (w_queues w))%nat) by (by apply lookup_lt_Some in Hdst).
  destruct (lo_queue _ _ _ Hl _ _ Hsrc) as [Hnds Hgrs Hqds Huns Hmxs Hhes].
  destruct (lo_queue _ _ _ Hl _ _ Hdst) as [Hndd Hgrd Hqdd Hund Hmxd Hhed].
  destruct (swap_pop_remove _ i d Hnds Hi) as (Hnd' & Hin' & Hsum').
  assert (Hdd : d ∉ cq_group_container dst) by (intros Ha; destruct (Hgrd _ Ha) as (xa & Hxa & Hga); congruence).
  assert (Hcd : forall f a, count_in f (<[d := Download g (dl_entry x) (dl_unchoked x)]> (w_downloads w)) a = count_in f (w_downloads w) a).
  { intros f a. unfold count_in. destruct (decide (a = d)) as [->|]; [by rewrite lookup_insert_eq, Hx|by rewrite lookup_insert_ne]. }
  assert (Hcs : forall f l, zsum (count_in f (<[d := Download g (dl_entry x) (dl_unchoked x)]> (w_downloads w))) l = zsum (count_in f (w_downloads w)) l).
  { intros f l. apply zsum_ext. intros. apply Hcd. }
  assert (Hnu : count_in ge_queued (w_downloads w) d = n /\ count_in ge_unchoked (w_downloads w) d = u) by (unfold count_in; rewrite Hx; done).
  assert (Hlk : forall q cq, w_queues w' !! q = Some cq ->
    (q = g /\ cq = set_counts (cq_currently_queued dst + n) (cq_currently_unchoked dst + u) (set_group_container (cq_group_container dst ++ [d]) dst))
    \/ (q = dl_group x /\ cq = set_counts (cq_currently_queued src - n) (cq_currently_unchoked src - u) (set_group_container (swap_pop i (cq_group_container src)) src))
    \/ (q <> g /\ q <> dl_group x /\ w_queues w !! q = Some cq)).
  { intros q cq. rewrite Hq'. destruct (decide (q = g)) as [->|]; [rewrite list_lookup_insert_eq by (rewrite length_insert; done); naive_solver|].
    rewrite list_lookup_insert_ne by done. destruct (decide (q = dl_group x)) as [->|]; [rewrite list_lookup_insert_eq by done; naive_solver|].
    rewrite list_lookup_insert_ne by done. auto. }
  apply (world_inv_lists is_up 0 0 w); try done.
  - constructor; rewrite ?Hd', ?Hc'; try apply Hl.
    + intros d1 x1. destruct (decide (d1 = d)) as [->|Hne].
      * rewrite lookup_insert_eq. intros [= <-]. destruct (lo_entry _ _ _ Hl _ _ Hx). constructor; try done. cbn.
        rewrite Hq', list_lookup_insert_eq by (rewrite length_insert; done). eexists; split; [done|]. cbn. apply elem_of_app. right. by apply list_elem_of_singleton.
      * rewrite lookup_insert_ne by done. intros Hx1. destruct (lo_entry _ _ _ Hl _ _ Hx1) as [? ? ? ? ? ? ? ? (cq1 & Hcq1 & Hin1)].
        constructor; try done. rewrite Hq'. destruct (decide (dl_group x1 = g)) as [Hg|].
        { rewrite Hg in *. rewrite list_lookup_insert_eq by (rewrite length_insert; done). eexists; split; [done|]. cbn. apply elem_of_app. left. congruence. }
        rewrite list_lookup_insert_ne by done. destruct (decide (dl_group x1 = dl_group x)) as [Hg|].
        { rewrite Hg in *. rewrite list_lookup_insert_eq by done. eexists; split; [done|]. cbn. apply Hin'. split; [congruence|done]. }
        rewrite list_lookup_insert_ne by done. eauto.
    + intros c d1 b Hc. destruct (decide (d1 = d)) as [->|]; [rewrite lookup_insert_eq; eauto|]. rewrite lookup_insert_ne by done. by apply (lo_place _ _ _ Hl) in Hc.
    + intros q cq [(-> & ->)|[(-> & ->)|(Hn1 & Hn2 & Hq1)]]%Hlk.
      * constructor; cbn; rewrite ?Hcs, ?zsum_snoc; try done; [| |lia|lia].
        -- apply NoDup_app. split_and!; [done| |apply NoDup_singleton]. intros a Ha Ha2%list_elem_of_singleton. congruence.
        -- intros a [Ha| ->%list_elem_of_singleton]%elem_of_app; [|rewrite lookup_insert_eq; eauto].
           destruct (Hgrd _ Ha) as (xa & Hxa & Hga). rewrite lookup_insert_ne by congruence. eauto.
      * constructor; cbn; rewrite ?Hcs, ?Hsum'; try done; [|lia|lia].
        intros a [Ha Hne]%Hin'. destruct (Hgrs _ Ha) as (xa & Hxa & Hga). rewrite lookup_insert_ne by done. eauto.
      * destruct (lo_queue _ _ _ Hl _ _ Hq1) as [? Hgr1 ? ? ? ?]. constructor; rewrite ?Hcs; try done.
        intros a Ha. destruct (Hgr1 _ Ha) as (xa & Hxa & Hga). rewrite lookup_insert_ne by congruence. eauto.
    + rewrite Hq'. rewrite (zsum_insert _ _ _ dst) by (rewrite list_lookup_insert_ne; done). rewrite (zsum_insert _ _ _ src) by done. cbn.
      rewrite (lo_total _ _ _ Hl). lia.
    + rewrite Hq'. rewrite (zsum_insert _ _ _ dst) by (rewrite list_lookup_insert_ne; done). rewrite (zsum_insert _ _ _ src) by done. cbn.
      rewrite <- (lo_size _ _ _ Hl). lia.
  - intros d1 x1. rewrite Hd'. destruct (decide (d1 = d)) as [->|].
    + rewrite lookup_insert_eq. intros [= <-]. cbn. by apply (wi_info _ _ _ Hw d).
    + rewrite lookup_insert_ne by done. apply (wi_info _ _ _ Hw d1).
  - intros e1 He1. rewrite Hd'. destruct (decide (e1 = d)) as [->|]; [by rewrite lookup_insert_eq|by rewrite lookup_insert_ne].
Qed.

Lemma join_side w d g e : world_ok is_up w -> w_downloads w !! d = None -> empty_entry e -> is_Some (w_queues w !! g) ->
  exists w', move_connections None (Some g) d (set_choke_group g d (adopt d e w)) = Ok w' /\ world_ok is_up w'
    /\ w_downloads w' = <[d := Download g e 0]> (w_downloads w) /\ length (w_queues w') = length (w_queues w)
    /\ w_max w' = w_max w /\ w_peers w' = w_peers w.
Proof.
  intros Hw Hd He [cq Hcq]. unfold move_connections. res_simpl. eexists; split; [done|].
  assert (Hdl : w_downloads (move_in g d (set_choke_group g d (adopt d e w))) = <[d := Download g e 0]> (w_downloads w)).
  { unfold move_in, set_choke_group, adopt. cbn. rewrite (alter_lookup _ _ _ (Download 0 e 0)) by apply lookup_insert_eq.
    cbn. by rewrite insert_insert_eq. }
  split_and!; try done.
  - apply (join_ok w _ d g e cq); try done. exact (update_queue_queues g (fun cq => set_group_container (cq_group_container cq ++ [d]) cq)
      (set_choke_group g d (adopt d e w)) cq Hcq).
  - cbn. by rewrite length_alter.
Qed.

Lemma leave_side w d x : world_ok is_up w -> w_downloads w !! d = Some x ->
  (forall c p, w_peers w !! c = Some p -> cs_entry (pc_choke p) <> d) ->
  exists w', move_connections (Some (dl_group x)) None d w = Ok w' /\ world_ok is_up (release d w')
    /\ w_downloads (release d w') = delete d (w_downloads w) /\ length (w_queues w') = length (w_queues w)
    /\ w_max w' = w_max w /\ w_peers w' = w_peers w.
Proof.
  intros Hw Hx Hno. destruct (lists_queue _ _ _ _ _ (wi_lists _ _ _ Hw) Hx) as (cq & Hcq & Hin).
  destruct (find_container _ _ Hin) as (i & Hfind & Hi). unfold move_connections, move_out. rewrite Hcq. res_simpl.
  rewrite Hfind. res_simpl. eexists; split; [done|]. split_and!; try done; [|cbn; by rewrite length_alter].
  apply (leave_ok w _ d x cq i); try done. cbn. rewrite (list_alter_lookup _ _ _ cq) by done. done.
Qed.

Lemma switch_side w d x g : world_ok is_up w -> w_downloads w !! d = Some x -> dl_group x <> g -> is_Some (w_queues w !! g) ->
  exists w', move_connections (Some (dl_group x)) (Some g) d w = Ok w' /\ world_ok is_up (set_choke_group g d w')
    /\ w_downloads (set_choke_group g d w') = <[d := Download g (dl_entry x) (dl_unchoked x)]> (w_downloads w)
    /\ length (w_queues w') = length (w_queues w) /\ w_max w' = w_max w /\ w_peers w' = w_peers w.
Proof.
  intros Hw Hx Hne [dst Hdst]. pose proof (wi_lists _ _ _ Hw) as Hl. destruct (lists_queue _ _ _ _ _ Hl Hx) as (src & Hsrc & Hin).
  destruct (find_container _ _ Hin) as (i & Hfind & Hi). unfold move_connections, move_out. rewrite Hsrc. res_simpl. rewrite Hfind. res_simpl.
  set (s1 := set_group_container (swap_pop i (cq_group_container src)) src). set (d1 := set_group_container (cq_group_container dst ++ [d]) dst).
  set (w1 := update_queue (dl_group x) _ w). set (w2 := move_in g d w1).
  assert (Hslt : (dl_group x < length (w_queues w))%nat) by (by apply lookup_lt_Some in Hsrc).
  assert (Hglt : (g < length (w_queues w))%nat) by (by apply lookup_lt_Some in Hdst).
  assert (Hq1 : w_queues w1 = <[dl_group x := s1]> (w_queues w)) by (exact (update_queue_queues _ (set_group_container (swap_pop i (cq_group_container src))) w src Hsrc)).
  assert (Hq2 : w_queues w2 = <[g := d1]> (<[dl_group x := s1]> (w_queues w))).
  { unfold w2, move_in. rewrite (update_queue_queues g _ w1 dst), Hq1 by (rewrite Hq1, list_lookup_insert_ne by done; done). done. }
  change (w_downloads w2) with (w_downloads w). rewrite Hx. res_simpl.
  set (n := zlen (ge_queued (dl_entry x))). set (u := zlen (ge_unchoked (dl_entry x))).
  pose proof (entry_counts _ _ _ _ _ _ Hl Hx Hsrc) as Hcnt. pose proof (queue_counts_small _ _ _ _ _ Hl Hsrc) as Hss.
  pose proof (queue_counts_small _ _ _ _ _ Hl Hdst) as Hsd. pose proof (lo_few _ _ _ Hl) as Hfew.
  pose proof (zlen_nonneg (ge_queued (dl_entry x))) as Hn0. pose proof (zlen_nonneg (ge_unchoked (dl_entry x))) as Hu0. fold n u in Hcnt, Hn0, Hu0.
  set (w3 := update_queue (dl_group x) (modify_currently_queued (- n)) w2).
  set (w4 := update_queue (dl_group x) (modify_currently_unchoked (- u)) w3).
  set (s2 := set_counts (cq_currently_queued src - n) (cq_currently_unchoked src - u) s1).
  assert (Hq4 : w_queues w4 = <[g := d1]> (<[dl_group x := s2]> (w_queues w))).
  { assert (Hs2 : w_queues w2 !! dl_group x = Some s1) by (rewrite Hq2, list_lookup_insert_ne, list_lookup_insert_eq by done; done).
    assert (Hq3 : w_queues w3 = <[dl_group x := modify_currently_queued (- n) s1]> (w_queues w2)) by (exact (update_queue_queues _ _ w2 s1 Hs2)).
    unfold w4. rewrite (update_queue_queues _ _ w3 (modify_currently_queued (- n) s1)).
    2:{ rewrite Hq3. apply list_lookup_insert_eq. rewrite Hq2, !length_insert. done. }
    rewrite Hq3, list_insert_insert_eq, Hq2. rewrite (list_insert_insert_ne _ _ _ _ _ Hne), list_insert_insert_eq.
    f_equal. f_equal. unfold modify_currently_unchoked, modify_currently_queued, s2. cbn. rewrite !u32_small by lia. done. }
  set (w5 := update_queue g (modify_currently_queued n) w4). eexists; split; [done|].
  set (w6 := update_queue g (modify_currently_unchoked u) w5).
  assert (Hq6 : w_queues w6 = <[g := set_counts (cq_currently_queued dst + n) (cq_currently_unchoked dst + u) d1]> (<[dl_group x := s2]> (w_queues w))).
  { assert (Hd4 : w_queues w4 !! g = Some d1) by (rewrite Hq4; apply list_lookup_insert_eq; rewrite length_insert; done).
    assert (Hq5 : w_queues w5 = <[g := modify_currently_queued n d1]> (w_queues w4)) by (exact (update_queue_queues _ _ w4 d1 Hd4)).
    unfold w6. rewrite (update_queue_queues _ _ w5 (modify_currently_queued n d1)).
    2:{ rewrite Hq5. apply list_lookup_insert_eq. rewrite Hq4, !length_insert. done. }
    rewrite Hq5, list_insert_insert_eq, Hq4, list_insert_insert_eq. f_equal. unfold modify_currently_unchoked, modify_currently_queued. cbn.
    rewrite !u32_small by (cbn; lia). done. }
  assert (Hd6 : w_downloads (set_choke_group g d w6) = <[d := Download g (dl_entry x) (dl_unchoked x)]> (w_downloads w)).
  { unfold set_choke_group. cbn. by rewrite (alter_lookup _ _ _ x). }
  split_and!; try done; [|rewrite Hq6, !length_insert; done].
  apply (switch_ok w _ d x g src dst i); try done.
Qed.

End move_facts.

(** ** All calls on one side

    Those of the connections, the downloads and the queues, and those of the
    manager: a cycle of a queue, whose result the manager adds to its counter,
    and a download that joins a queue, leaves it or goes to another. *)
Inductive side_call :=
  | Plain (k : call)
  | Cycle (q : nat) (quota : Z)
  | Join (d g : nat) (e : group_entry)
  | Leave (d : nat)
  | Switch (d g : nat).

Section side_calls.
Context `{!Sorter}.
Variable is_up : bool.
Variable env : environment.

Definition run_side (k : side_call) (w : world) : res world :=
  match k with
  | Plain k => run_call is_up env k w
  | Cycle q quota => '(n, w) ← cycle is_up env q quota w; Ok (set_currently (u32 (w_currently w + n)) w)
  | Join d g e => move_connections None (Some g) d (set_choke_group g d (adopt d e w))
  | Leave d => x ← of_deref (w_downloads w !! d); w ← move_connections (Some (dl_group x)) None d w; Ok (release d w)
  | Switch d g => x ← of_deref (w_downloads w !! d); w ← move_connections (Some (dl_group x)) (Some g) d w; Ok (set_choke_group g d w)
  end.

(** A download that joins is new and without connections, one that leaves has
    none any more, and one that moves goes to another queue. *)
Definition side_allowed (k : side_call) (w : world) : Prop :=
  match k with
  | Plain k => call_allowed is_up env k w
  | Cycle q quota => is_Some (w_queues w !! q) /\ is_u32 quota /\ forall n, 0 <= env_random env n
  | Join d g e => w_downloads w !! d = None /\ empty_entry e /\ is_Some (w_queues w !! g)
  | Leave d => is_Some (w_downloads w !! d) /\ forall c p, w_peers w !! c = Some p -> cs_entry (pc_choke p) <> d
  | Switch d g => exists x, w_downloads w !! d = Some x /\ dl_group x <> g /\ is_Some (w_queues w !! g)
  end.

(** C4: Every call of a connection, a download, a queue or the resource
    manager that its users may make keeps one side of the choke bookkeeping
    consistent and never throws, cycles and moves of downloads between queues
    included: each connection is on the one list its status names, the counts
    of the queues are the lengths of the lists, [DownloadInfo] counts its
    unchoked connections, and the counter of the resource manager is the sum of
    the queues. *)
Theorem choke_call_preserves (k : side_call) w : world_ok is_up w -> side_allowed k w ->
  exists w', run_side k w = Ok w' /\ world_ok is_up w'.
Proof.
  intros Hw. destruct k as [k|q quota|d g e|d|d g]; cbn [run_side side_allowed].
  - by apply call_ok.
  - intros ([cq Hq] & Hqt & Hr). destruct (cycle_spec is_up env 0 q cq quota w Hw Hq Hqt Hr) as (n & w' & cq' & -> & Hw' & _).
    res_simpl. eexists; split; [done|]. by apply tick_settles.
  - intros (Hd & He & Hg). destruct (join_side is_up w d g e Hw Hd He Hg) as (w' & ? & ? & _). eauto.
  - intros [[x Hx] Hno]. rewrite Hx. res_simpl. destruct (leave_side is_up w d x Hw Hx Hno) as (w' & -> & ? & _). eauto.
  - intros (x & Hx & Hne & Hg). rewrite Hx. res_simpl. destruct (switch_side is_up w d x g Hw Hx Hne Hg) as (w' & -> & ? & _). eauto.
Qed.

End side_calls.

Lemma choke_call_preserves_witness : exists w', run_side true quiet (Cycle 0 1) sample_world = Ok w' /\ world_ok true w'.
Proof.
  apply (choke_call_preserves true quiet (Cycle 0 1) sample_world); [apply sample_ok|].
  split; [by eexists|]. split; [unfold is_u32; lia|cbn; lia].
Defined.

(** ** The ranges of the groups *)

(** How many entries belong to the groups before [i]. *)
Definition below (i : nat) (l : list resource_manager_entry) : nat := count (fun e => (re_group e <? i)%nat) l.

Definition by_group (l : list resource_manager_entry) : Prop := StronglySorted (fun a b => (re_group a <= re_group b)%nat) l.

Definition iterators_ok (m : manager) : Prop :=
  forall i g, rm_groups m !! i = Some g ->
    cg_first g = to_address m (below i (rm_entries m)) /\ cg_last g = to_address m (below (S i) (rm_entries m)).

Lemma below_cons i e l : below i (e :: l) = ((if (re_group e <? i)%nat then 1 else 0) + below i l)%nat.
Proof. exact (count_cons (fun e => (re_group e <? i)%nat) e l). Qed.

Lemma below_app i l k : below i (l ++ k) = (below i l + below i k)%nat.
Proof. exact (count_app (fun e => (re_group e <? i)%nat) l k). Qed.

Lemma below_none i l : Forall (fun e => (i <= re_group e)%nat) l -> below i l = 0%nat.
Proof.
  induction 1 as [|e l He _ IH]; [done|]. rewrite below_cons, IH. destruct (Nat.ltb_spec (re_group e) i); lia.
Qed.

Lemma below_all i l : Forall (fun e => (re_group e < i)%nat) l -> below i l = length l.
Proof.
  induction 1 as [|e l He _ IH]; [done|]. rewrite below_cons, IH. cbn [length]. destruct (Nat.ltb_spec (re_group e) i); lia.
Qed.

(** A sorted vector is the entries of the groups before [i], then the others. *)
Lemma below_split i l : by_group l ->
  Forall (fun e => (re_group e < i)%nat) (take (below i l) l) /\ Forall (fun e => (i <= re_group e)%nat) (drop (below i l) l).
Proof.
  induction 1 as [|e l Hs IH Hall]; [done|]. rewrite below_cons. destruct (Nat.ltb_spec (re_group e) i) as [Hlt|Hge]; cbn [Nat.add].
  - destruct IH. split; [by constructor|done].
  - rewrite below_none; [split; [constructor|]|].
    + constructor; [done|]. eapply Forall_impl; [exact Hall|]. cbn. lia.
    + eapply Forall_impl; [exact Hall|]. cbn. lia.
Qed.

Lemma find_split_below g l : by_group l -> length (fst (find_split (fun e => (g <? re_group e)%nat) l)) = below (S g) l.
Proof.
  induction 1 as [|e l Hs IH Hall]; [done|]. rewrite below_cons. cbn [find_split].
  destruct (Nat.ltb_spec g (re_group e)) as [Hlt|Hge]; destruct (Nat.ltb_spec (re_group e) (S g)); try lia.
  - cbn. rewrite below_none; [done|]. eapply Forall_impl; [exact Hall|]. cbn. lia.
  - destruct (find_split _ l) as [pre post]. cbn in *. lia.
Qed.

Lemma by_group_drop n l : by_group l -> by_group (drop n l).
Proof.
  intros Hs. revert n. induction Hs as [|e l Hs IH Hall]; intros n; [by rewrite drop_nil; constructor|].
  destruct n; [by constructor|apply IH].
Qed.

Lemma find_after_below g i l : by_group l -> (i <= S g)%nat -> find_after g l (below i l) = below (S g) l.
Proof.
  intros Hs Hi. unfold find_after. rewrite find_split_below by (by apply by_group_drop).
  destruct (below_split i l Hs) as [Ht _].
  assert (Hsplit : below (S g) l = (below (S g) (take (below i l) l) + below (S g) (drop (below i l) l))%nat).
  { rewrite <- below_app. by rewrite take_drop. }
  rewrite Hsplit, (below_all _ (take (below i l) l)) by (eapply Forall_impl; [exact Ht|]; cbn; lia).
  rewrite length_take. pose proof (count_le (fun e => (re_group e <? i)%nat) l). unfold below in *. lia.
Qed.

Lemma below_zero l : below 0 l = 0%nat.
Proof. apply below_none. apply Forall_forall. lia. Qed.

Lemma find_group_end_below g m : by_group (rm_entries m) -> find_group_end g m = below (S g) (rm_entries m).
Proof. intros Hs. unfold find_group_end. rewrite <- (below_zero (rm_entries m)). apply find_after_below; [done|lia]. Qed.

Lemma update_from_lookup m gs i j g : by_group (rm_entries m) ->
  update_from m i (below i (rm_entries m)) gs !! j = Some g -> exists g0, gs !! j = Some g0 /\ cg_name g = cg_name g0
    /\ cg_first g = to_address m (below (i + j) (rm_entries m)) /\ cg_last g = to_address m (below (S (i + j)) (rm_entries m)).
Proof.
  intros Hs. revert i j. induction gs as [|g0 gs IH]; intros i j; [done|]. cbn [update_from]. rewrite find_after_below by (done || lia).
  destruct j as [|j]; cbn.
  - intros [= <-]. exists g0. rewrite Nat.add_0_r. done.
  - intros Hj. destruct (IH (S i) j Hj) as (g1 & Hg1 & Hn & Hf & Hl). exists g1. rewrite Nat.add_succ_r. done.
Qed.

Lemma update_from_length m gs i pos : length (update_from m i pos gs) = length gs.
Proof. revert i pos. induction gs as [|g gs IH]; intros; cbn; [done|]. by rewrite IH. Qed.

Lemma update_from_names m gs i pos : cg_name <$> update_from m i pos gs = cg_name <$> gs.
Proof. revert i pos. induction gs as [|g gs IH]; intros; cbn; [done|]. by rewrite IH. Qed.

Lemma validate_from_ok m gs i : by_group (rm_entries m) ->
  (forall j g, gs !! j = Some g -> cg_first g = to_address m (below (i + j) (rm_entries m))
                                /\ cg_last g = to_address m (below (S (i + j)) (rm_entries m))) ->
  validate_from m i (below i (rm_entries m)) gs = Ok tt.
Proof.
  intros Hs. revert i. induction gs as [|g gs IH]; intros i Hg; [done|]. cbn [validate_from].
  destruct (Hg 0%nat g eq_refl) as [Hf Hl]. rewrite Nat.add_0_r in *.
  rewrite find_after_below by (done || lia). rewrite Hf, Hl, !bool_decide_eq_true_2 by done. cbn [negb]. res_simpl.
  apply IH. intros j g' Hj. destruct (Hg (S j) g' Hj) as [Hf' Hl']. rewrite Nat.add_succ_r in *. done.
Qed.

Lemma validate_ok m : by_group (rm_entries m) -> iterators_ok m -> validate_group_iterators m = Ok tt.
Proof.
  intros Hs Hi. pose proof (validate_from_ok m (rm_groups m) 0 Hs Hi) as Hv. by rewrite below_zero in Hv.
Qed.

(** Inserting behind the group, and removing. *)
Lemma by_group_insert e l : by_group l ->
  by_group (take (below (S (re_group e)) l) l ++ e :: drop (below (S (re_group e)) l) l).
Proof.
  intros Hs. destruct (below_split (S (re_group e)) l Hs) as [Ht Hd]. set (n := below _ l) in *.
  rewrite <- (take_drop n l) in Hs. clearbody n. induction (take n l) as [|a t IH]; cbn in *.
  - constructor; [done|]. eapply Forall_impl; [exact Hd|]. cbn. lia.
  - apply Forall_cons in Ht as [Ha Ht]. apply StronglySorted_inv in Hs as [Hs Hall]. apply Forall_app in Hall as [H1 H2].
    constructor; [by apply IH|]. apply Forall_app. split; [done|]. constructor; [lia|done].
Qed.

Lemma below_insert i e n l : below i (take n l ++ e :: drop n l) = (below i l + (if (re_group e <? i)%nat then 1 else 0))%nat.
Proof.
  assert (Hsplit : below i l = (below i (take n l) + below i (drop n l))%nat) by (rewrite <- below_app; by rewrite take_drop).
  rewrite below_app, below_cons, Hsplit. lia.
Qed.

Lemma below_delete i j e l : l !! j = Some e -> (below i (delete j l) + (if (re_group e <? i)%nat then 1 else 0) = below i l)%nat.
Proof.
  intros Hj. rewrite <- (take_drop_middle l j e Hj) at 2. rewrite delete_take_drop, !below_app, below_cons. lia.
Qed.

Lemma by_group_delete j l : by_group l -> by_group (delete j l).
Proof.
  intros Hs. revert j. induction Hs as [|e l Hs IH Hall]; intros j; [by rewrite delete_take_drop, take_nil, drop_nil; constructor|].
  destruct j as [|j]; cbn; [done|]. constructor; [apply IH|]. change (delete j l) with (delete j l).
  rewrite delete_take_drop. apply Forall_app. split; [by apply Forall_take|by apply Forall_drop].
Qed.

(** [std::for_each] over a range of groups. *)
Lemma for_groups_ok f F lo n gs : (lo + n <= length gs)%nat ->
  (forall j g, gs !! j = Some g -> (lo <= j < lo + n)%nat -> f g = Ok (F g)) ->
  exists gs', for_groups f lo n gs = Ok gs' /\ length gs' = length gs
    /\ forall j, gs' !! j = if decide (lo <= j < lo + n)%nat then F <$> gs !! j else gs !! j.
Proof.
  revert lo gs. induction n as [|n IH]; intros lo gs Hlen Hf; cbn [for_groups].
  - exists gs. split_and!; try done. intros j. destruct (decide _); [lia|done].
  - destruct (lookup_lt_is_Some_2 gs lo ltac:(lia)) as [g Hg]. rewrite Hg. res_simpl. rewrite (Hf lo g Hg ltac:(lia)). res_simpl.
    destruct (IH (S lo) (<[lo := F g]> gs)) as (gs' & Heq & Hlen' & Hlk).
    { rewrite length_insert. lia. }
    { intros j g' Hj Hr. rewrite list_lookup_insert_ne in Hj by lia. apply (Hf j); [done|lia]. }
    exists gs'. rewrite length_insert in Hlen'. split_and!; try done. intros j. rewrite Hlk.
    destruct (decide (j = lo)) as [->|Hne].
    + rewrite list_lookup_insert_eq by (by apply lookup_lt_Some in Hg). destruct (decide _); [lia|]. destruct (decide _); [|lia]. by rewrite Hg.
    + rewrite list_lookup_insert_ne by done. destruct (decide _), (decide _); try lia; done.
Qed.

(** ** The invariant of the manager *)

Definition entry_groups (l : list resource_manager_entry) : gmap nat nat :=
  list_to_map ((fun e => (re_download e, re_group e)) <$> l).

(** One side: its queues are those of the groups, and its downloads are the
    entries, each in the group of its entry. *)
Record side_ok (is_up : bool) (m : manager) (w : world) : Prop := {
  so_world : world_ok is_up w;
  so_queues : length (w_queues w) = length (rm_groups m);
  so_max : 0 <= w_max w <= 2 ^ 20;
  so_groups : dl_group <$> w_downloads w = entry_groups (rm_entries m);
}.

Record manager_ok (m : manager) : Prop := {
  mo_up : side_ok true m (rm_up m);
  mo_down : side_ok false m (rm_down m);
  mo_nodup : NoDup (re_download <$> rm_entries m);
  mo_sorted : by_group (rm_entries m);
  mo_group : Forall (fun e => (re_group e < length (rm_groups m))%nat) (rm_entries m);
  mo_few : zlen (rm_groups m) < 2 ^ 16;
  mo_iterators : iterators_ok m;
  mo_storage : rm_storage m = false -> rm_entries m = [];
  mo_names : NoDup (cg_name <$> rm_groups m);
}.

Lemma entry_keys l : ((fun e => (re_download e, re_group e)) <$> l).*1 = re_download <$> l.
Proof. rewrite <- list_fmap_compose. done. Qed.

Lemma entry_groups_lookup l i e : NoDup (re_download <$> l) -> l !! i = Some e -> entry_groups l !! re_download e = Some (re_group e).
Proof.
  intros Hnd Hi. apply elem_of_list_to_map_1; [by rewrite entry_keys|].
  apply list_elem_of_fmap. exists e. split; [done|]. by apply list_elem_of_lookup_2 in Hi.
Qed.

Lemma entry_groups_none l d : d ∉ re_download <$> l -> entry_groups l !! d = None.
Proof. intros Hd. apply not_elem_of_list_to_map_1. by rewrite entry_keys. Qed.

Lemma entry_groups_perm l l' : NoDup (re_download <$> l) -> Permutation l l' -> entry_groups l = entry_groups l'.
Proof. intros Hnd Hp. apply list_to_map_proper; [by rewrite entry_keys|by rewrite Hp]. Qed.

Lemma insert_perm {A} n (e : A) l : Permutation (take n l ++ e :: drop n l) (e :: l).
Proof. rewrite <- Permutation_middle, take_drop. done. Qed.

Lemma entry_groups_insert n e l : NoDup (re_download <$> l) -> re_download e ∉ re_download <$> l ->
  entry_groups (take n l ++ e :: drop n l) = <[re_download e := re_group e]> (entry_groups l).
Proof.
  intros Hnd Hn. rewrite (entry_groups_perm _ (e :: l)); [done| |apply insert_perm].
  rewrite insert_perm. cbn. by constructor.
Qed.

Lemma entry_groups_delete j e l : NoDup (re_download <$> l) -> l !! j = Some e ->
  NoDup (re_download <$> delete j l) /\ (re_download e ∉ re_download <$> delete j l)
  /\ entry_groups (delete j l) = delete (re_download e) (entry_groups l).
Proof.
  intros Hnd Hj. assert (Hp : Permutation l (e :: delete j l)) by (by apply delete_Permutation).
  pose proof Hnd as Hnd2. rewrite Hp in Hnd2. cbn in Hnd2. apply NoDup_cons in Hnd2 as [He Hnd2]. split_and!; [done..|].
  rewrite (entry_groups_perm _ _ Hnd Hp). change (entry_groups (e :: delete j l)) with (<[re_download e := re_group e]> (entry_groups (delete j l))).
  rewrite delete_insert_id by (by apply entry_groups_none). done.
Qed.

Lemma side_lookup is_up m w i e : side_ok is_up m w -> NoDup (re_download <$> rm_entries m) -> rm_entries m !! i = Some e ->
  exists x, w_downloads w !! re_download e = Some x /\ dl_group x = re_group e.
Proof.
  intros Hs Hnd Hi. pose proof (entry_groups_lookup _ _ _ Hnd Hi) as Hl. rewrite <- (so_groups _ _ _ Hs), lookup_fmap in Hl.
  apply fmap_Some in Hl as (x & Hx & Hg). eauto.
Qed.

Lemma side_fresh is_up m w d : side_ok is_up m w -> d ∉ re_download <$> rm_entries m -> w_downloads w !! d = None.
Proof.
  intros Hs Hd. apply entry_groups_none in Hd. rewrite <- (so_groups _ _ _ Hs), lookup_fmap in Hd. by apply fmap_None in Hd.
Qed.

(** A call that keeps the queues, the limit and the groups. *)
Lemma side_keeps is_up m w w' : side_ok is_up m w -> world_ok is_up w' -> keeps w w' -> side_ok is_up m w'.
Proof. intros [Hw Hq Hm Hg] Hw' [Kq Km Kg]. constructor; [done|congruence|congruence|congruence]. Qed.

Lemma side_queue is_up m w g : side_ok is_up m w -> (g < length (rm_groups m))%nat -> is_Some (w_queues w !! g).
Proof. intros Hs Hg. apply lookup_lt_is_Some_2. by rewrite (so_queues _ _ _ Hs). Qed.

Lemma insert_entry_ok m e up down : manager_ok m -> re_download e ∉ re_download <$> rm_entries m ->
  (re_group e < length (rm_groups m))%nat -> empty_entry up -> empty_entry down ->
  exists m', insert e up down m = Ok m' /\ manager_ok m'.
Proof.
  intros Hm Hd Hg Hup Hdown. pose proof Hm as [Hu Hv Hnd Hs Hgr Hfew Hit Hst Hnm]. set (d := re_download e) in *.
  destruct (join_side true (rm_up m) d (re_group e) up (so_world _ _ _ Hu) (side_fresh _ _ _ _ Hu Hd) Hup (side_queue _ _ _ _ Hu Hg))
    as (u' & Hju & Hwu & Hdu & Hlu & Hmu & _).
  destruct (join_side false (rm_down m) d (re_group e) down (so_world _ _ _ Hv) (side_fresh _ _ _ _ Hv Hd) Hdown (side_queue _ _ _ _ Hv Hg))
    as (v' & Hjv & Hwv & Hdv & Hlv & Hmv & _).
  unfold insert. rewrite find_group_end_below by done. set (n := below (S (re_group e)) (rm_entries m)).
  rewrite (proj2 (throw_when_ok _ _ tt)) by (apply negb_false_iff, Nat.ltb_lt; done). res_simpl. fold d.
  set (l' := take n (rm_entries m) ++ e :: drop n (rm_entries m)).
  set (m1 := update_group_iterators _).
  assert (Hs' : by_group l') by (by apply by_group_insert).
  assert (Hlk : forall i g, rm_groups m1 !! i = Some g -> exists g0, rm_groups m !! i = Some g0 /\ cg_name g = cg_name g0
    /\ cg_first g = to_address m1 (below i l') /\ cg_last g = to_address m1 (below (S i) l')).
  { intros i g Hi. pose proof (below_zero l') as Hz. unfold m1, update_group_iterators in Hi. cbn [set_groups rm_groups] in Hi.
    rewrite <- Hz in Hi at 2. apply update_from_lookup in Hi; [|done]. done. }
  assert (Hgl : length (rm_groups m1) = length (rm_groups m)) by apply update_from_length.
  unfold group_at. destruct (lookup_lt_is_Some_2 (rm_groups m1) (re_group e)) as [g0 ->]; [by rewrite Hgl|]. res_simpl.
  change (rm_up m1) with (set_choke_group (re_group e) d (adopt d up (rm_up m))). rewrite Hju. res_simpl.
  change (rm_down m1) with (set_choke_group (re_group e) d (adopt d down (rm_down m))). rewrite Hjv. res_simpl.
  eexists; split; [done|]. constructor; cbn [set_down set_up rm_up rm_down rm_entries rm_groups rm_storage m1 update_group_iterators set_groups].
  - constructor; [done|cbn; rewrite update_from_length, Hlu; apply Hu|rewrite Hmu; apply Hu|].
    rewrite Hdu, fmap_insert, (so_groups _ _ _ Hu). symmetry. exact (entry_groups_insert n e _ Hnd Hd).
  - constructor; [done|cbn; rewrite update_from_length, Hlv; apply Hv|rewrite Hmv; apply Hv|].
    rewrite Hdv, fmap_insert, (so_groups _ _ _ Hv). symmetry. exact (entry_groups_insert n e _ Hnd Hd).
  - unfold l'. rewrite insert_perm. cbn. by constructor.
  - done.
  - rewrite update_from_length. unfold l'. rewrite insert_perm. by constructor.
  - unfold zlen in *. rewrite update_from_length. done.
  - intros i g Hi. destruct (Hlk i g Hi) as (g1 & _ & _ & Hf & Hl). done.
  - done.
  - rewrite update_from_names. done.
Qed.

(** Moving pointers that are not null. *)
Definition plus (k : Z) (p : option Z) : option Z := (fun i => i + k) <$> p.
Definition last_by (k : Z) (g : choke_group) : choke_group := set_last (plus k (cg_last g)) g.
Definition first_by (k : Z) (g : choke_group) : choke_group := set_first (plus k (cg_first g)) g.

Lemma move_last_ok k g z : cg_last g = Some z -> move_last k g = Ok (last_by k g).
Proof. intros Hz. unfold move_last, last_by. rewrite Hz. done. Qed.

Lemma move_first_ok k g z : cg_first g = Some z -> move_first k g = Ok (first_by k g).
Proof. intros Hz. unfold move_first, first_by. rewrite Hz. done. Qed.

Lemma move_iterators_ok k g a b : cg_first g = Some a -> cg_last g = Some b -> move_iterators k g = Ok (last_by k (first_by k g)).
Proof. intros Ha Hb. unfold move_iterators, last_by, first_by. rewrite Ha, Hb. res_simpl. cbn. rewrite Hb. done. Qed.

Lemma iterators_some m i g : rm_storage m = true -> iterators_ok m -> rm_groups m !! i = Some g ->
  cg_first g = Some (Z.of_nat (below i (rm_entries m))) /\ cg_last g = Some (Z.of_nat (below (S i) (rm_entries m))).
Proof. intros Hs Hi Hg. destruct (Hi i g Hg) as [-> ->]. unfold to_address. by rewrite Hs. Qed.

Lemma not_empty_storage m i e : manager_ok m -> rm_entries m !! i = Some e -> rm_storage m = true.
Proof. intros Hm Hi. destruct (rm_storage m) eqn:E; [done|]. by rewrite (mo_storage _ Hm E) in Hi. Qed.

Lemma names_by_lookup (gs gs' : list choke_group) : length gs' = length gs ->
  (forall j g, gs !! j = Some g -> exists g', gs' !! j = Some g' /\ cg_name g' = cg_name g) -> cg_name <$> gs' = cg_name <$> gs.
Proof.
  intros Hl Hn. apply list_eq. intros j. rewrite !list_lookup_fmap. destruct (gs !! j) as [g|] eqn:E.
  - destruct (Hn j g E) as (g' & -> & Hg). cbn. by rewrite Hg.
  - apply lookup_ge_None in E. assert (gs' !! j = None) as -> by (apply lookup_ge_None; lia). done.
Qed.

Lemma erase_iterators m g0 : (g0 < length (rm_groups m))%nat -> rm_storage m = true -> iterators_ok m ->
  exists gs1 gs2, update_group (move_last (-1)) g0 (rm_groups m) = Ok gs1
    /\ for_groups (move_iterators (-1)) (S g0) (length gs1 - S g0) gs1 = Ok gs2 /\ length gs2 = length (rm_groups m)
    /\ forall j g, rm_groups m !! j = Some g -> exists g', gs2 !! j = Some g' /\ cg_name g' = cg_name g
       /\ cg_first g' = plus (if (g0 <? j)%nat then -1 else 0) (cg_first g)
       /\ cg_last g' = plus (if (g0 <? S j)%nat then -1 else 0) (cg_last g).
Proof.
  intros Hg Hs Hi. destruct (for_groups_ok (move_last (-1)) (last_by (-1)) g0 1 (rm_groups m)) as (gs1 & Heq1 & Hl1 & Hk1).
  { lia. } { intros j g Hj _. destruct (iterators_some _ _ _ Hs Hi Hj) as [_ Hb]. by eapply move_last_ok. }
  destruct (for_groups_ok (move_iterators (-1)) (fun g => last_by (-1) (first_by (-1) g)) (S g0) (length gs1 - S g0) gs1) as (gs2 & Heq2 & Hl2 & Hk2).
  { lia. } { intros j g Hj Hr. rewrite Hk1 in Hj. destruct (decide _) in Hj; [lia|]. destruct (iterators_some _ _ _ Hs Hi Hj). by eapply move_iterators_ok. }
  exists gs1, gs2. split_and!; [done|done|lia|]. intros j g Hj. rewrite Hk2, Hk1, Hj. destruct (iterators_some _ _ _ Hs Hi Hj) as [Ha Hb].
  assert (Hjl : (j < length (rm_groups m))%nat) by (by apply lookup_lt_Some in Hj).
  destruct (decide (S g0 <= j < S g0 + (length gs1 - S g0))%nat), (decide (g0 <= j < g0 + 1)%nat); try lia;
    destruct (Nat.ltb_spec g0 j), (Nat.ltb_spec g0 (S j)); try lia; eexists; (split; [done|]); cbn; rewrite Ha, Hb; cbn;
    rewrite ?Z.add_0_r; done.
Qed.

Lemma plus_address (b : bool) (n n' : nat) : (n' + (if b then 1 else 0) = n)%nat ->
  plus (if b then -1 else 0) (Some (Z.of_nat n)) = Some (Z.of_nat n').
Proof. intros Hn. cbn. f_equal. destruct b; lia. Qed.

Lemma find_entry m d i : find d m = Some i -> exists e, rm_entries m !! i = Some e /\ re_download e = d.
Proof. unfold find. intros ([j e] & Hf & ->)%fmap_Some. apply list_find_Some in Hf as (Hj & He & _). eauto. Qed.

Lemma find_known m d : d ∈ re_download <$> rm_entries m -> exists i, find d m = Some i.
Proof.
  intros (e & -> & He)%list_elem_of_fmap. unfold find. destruct (list_find _ _) as [[i e']|] eqn:E; [by eexists|].
  apply list_find_None in E. rewrite Forall_forall in E. by apply E in He.
Qed.

(** No connection of either side belongs to the download. *)
Definition no_connections (d : nat) (w : world) : Prop := forall c p, w_peers w !! c = Some p -> cs_entry (pc_choke p) <> d.

Lemma erase_ok m d : manager_ok m -> d ∈ re_download <$> rm_entries m -> no_connections d (rm_up m) -> no_connections d (rm_down m) ->
  exists m', erase d m = Ok m' /\ manager_ok m' /\ (d ∉ re_download <$> rm_entries m').
Proof.
  intros Hm Hd Hnu Hnv. pose proof Hm as [Hu Hv Hnd Hs Hgr Hfew Hit Hst Hnm].
  destruct (find_known _ _ Hd) as [i Hi]. destruct (find_entry _ _ _ Hi) as (e & He & Hed). pose proof (not_empty_storage _ _ _ Hm He) as Hsto.
  pose proof (proj1 (Forall_lookup _ _) Hgr _ _ He) as Hg. cbn in Hg.
  destruct (side_lookup _ _ _ _ _ Hu Hnd He) as (x & Hx & Hxg). destruct (side_lookup _ _ _ _ _ Hv Hnd He) as (y & Hy & Hyg).
  rewrite Hed in *. unfold erase. rewrite Hi. unfold of_deref at 1. rewrite He. res_simpl.
  unfold group_at. destruct (lookup_lt_is_Some_2 _ _ Hg) as [g0 ->]. res_simpl.
  destruct (leave_side true (rm_up m) d x (so_world _ _ _ Hu) Hx Hnu) as (u' & Hju & Hwu & Hdu & Hlu & Hmu & _).
  destruct (leave_side false (rm_down m) d y (so_world _ _ _ Hv) Hy Hnv) as (v' & Hjv & Hwv & Hdv & Hlv & Hmv & _).
  rewrite Hxg in Hju. rewrite Hyg in Hjv. rewrite Hju. res_simpl. rewrite Hjv. res_simpl.
  destruct (erase_iterators m (re_group e) Hg Hsto Hit) as (gs1 & gs2 & -> & Heq2 & Hl2 & Hk2). res_simpl. rewrite Heq2. res_simpl.
  destruct (entry_groups_delete i e (rm_entries m) Hnd He) as (Hnd' & Hnin & Hegr). rewrite Hed in *.
  eexists; split; [done|]. split; [|done]. constructor; cbn [rm_up rm_down rm_entries rm_storage rm_groups].
  - constructor; [done|cbn; rewrite Hlu, Hl2; apply Hu|cbn; rewrite Hmu; apply Hu|].
    rewrite Hdu, fmap_delete, (so_groups _ _ _ Hu). by rewrite <- Hegr.
  - constructor; [done|cbn; rewrite Hlv, Hl2; apply Hv|cbn; rewrite Hmv; apply Hv|].
    rewrite Hdv, fmap_delete, (so_groups _ _ _ Hv). by rewrite <- Hegr.
  - done.
  - by apply by_group_delete.
  - rewrite Hl2, delete_take_drop. apply Forall_app. split; [by apply Forall_take|by apply Forall_drop].
  - unfold zlen in *. by rewrite Hl2.
  - intros j g Hj. cbn [rm_groups rm_entries] in *. assert (Hjl : (j < length (rm_groups m))%nat) by (apply lookup_lt_Some in Hj; lia).
    destruct (lookup_lt_is_Some_2 _ _ Hjl) as [gj Hgj]. destruct (Hk2 j gj Hgj) as (g' & Hg' & _ & Hf' & Hl').
    rewrite Hj in Hg'. simplify_eq. destruct (iterators_some _ _ _ Hsto Hit Hgj) as [Ha Hb]. unfold to_address. cbn [rm_storage]. rewrite Hsto.
    rewrite Hf', Hl', Ha, Hb. split; apply plus_address.
    + exact (below_delete j i e _ He).
    + exact (below_delete (S j) i e _ He).
  - by rewrite Hsto.
  - rewrite (names_by_lookup (rm_groups m) gs2); [done|done|]. intros j g Hj. destruct (Hk2 j g Hj) as (g' & Hg' & Hn & _). eauto.
Qed.

(** A new queue at the end. *)
Lemma push_queue_ok is_up w flags h : world_ok is_up w -> h <> HEURISTICS_MAX_SIZE ->
  world_ok is_up (set_queues (w_queues w ++ [new_queue flags h]) w).
Proof.
  intros Hw Hh. pose proof (wi_lists _ _ _ Hw) as Hl. apply (world_inv_lists is_up 0 0 w); try done; [|apply Hw].
  constructor; try apply Hl; cbn [set_queues w_queues].
  - intros d x Hx. destruct (lo_entry _ _ _ Hl _ _ Hx) as [? ? ? ? ? ? ? ? (cq & Hcq & Hin)]. constructor; try done.
    exists cq. rewrite lookup_app_l by (by apply lookup_lt_Some in Hcq). done.
  - intros q cq [Hq|[Hge Hq]]%lookup_app_Some; [by apply (lo_queue _ _ _ Hl)|].
    apply list_lookup_singleton_Some in Hq as [_ <-]. constructor; cbn; try done; [constructor|by intros d Hd%elem_of_nil].
  - rewrite zsum_snoc. cbn. rewrite (lo_total _ _ _ Hl). lia.
  - rewrite zsum_snoc. cbn. rewrite (lo_size _ _ _ Hl). lia.
Qed.

Lemma push_group_ok m name : manager_ok m -> name <> String.EmptyString -> name ∉ cg_name <$> rm_groups m ->
  zlen (rm_groups m) + 1 < 2 ^ 16 -> (rm_entries m <> [] \/ rm_storage m = false) ->
  exists m', push_group name m = Ok m' /\ manager_ok m'.
Proof.
  intros Hm Hn Hdup Hfew1 Hst1. pose proof Hm as [Hu Hv Hnd Hs Hgr Hfew Hit Hst Hnm]. unfold push_group.
  rewrite (proj2 (throw_when_ok _ _ tt)).
  2:{ apply orb_false_iff. split; [by apply bool_decide_eq_false_2|]. apply not_true_is_false. intros Hex.
      apply existsb_exists in Hex as (g & Hg & He). apply bool_decide_eq_true_1 in He. apply Hdup.
      apply list_elem_of_fmap. exists g. split; [done|]. by apply list_elem_of_In. }
  res_simpl. eexists; split; [done|]. constructor; cbn [rm_up rm_down rm_entries rm_storage rm_groups]; try done.
  - constructor; cbn; try apply Hu; [apply push_queue_ok; [apply Hu|done]|]. rewrite !length_app, (so_queues _ _ _ Hu). done.
  - constructor; cbn; try apply Hv; [apply push_queue_ok; [apply Hv|done]|]. rewrite !length_app, (so_queues _ _ _ Hv). done.
  - eapply Forall_impl; [exact Hgr|]. cbn. intros e He. rewrite length_app. lia.
  - unfold zlen in *. rewrite length_app. cbn. lia.
  - intros j g [Hj|[Hge Hj]]%lookup_app_Some; [by apply Hit|].
    apply list_lookup_singleton_Some in Hj as [Hj <-]. cbn [cg_first cg_last rm_entries].
    assert (Hall : below j (rm_entries m) = length (rm_entries m) /\ below (S j) (rm_entries m) = length (rm_entries m)).
    { split; apply below_all; (eapply Forall_impl; [exact Hgr|]); cbn; lia. }
    destruct Hall as [-> ->]. unfold to_address. cbn [rm_storage]. destruct (rm_entries m) as [|e l] eqn:E.
    + destruct Hst1 as [|Hsf]; [done|]. by rewrite Hsf.
    + destruct (rm_storage m) eqn:Hsto; [done|]. by specialize (Hst eq_refl).
  - rewrite fmap_app. cbn. apply NoDup_app. split_and!; [done| |apply NoDup_singleton]. intros a Ha Ha2%list_elem_of_singleton. congruence.
Qed.

(** The pointers of the groups between the two. *)
Lemma set_group_iterators m src dst : src <> dst -> (src < length (rm_groups m))%nat -> (dst < length (rm_groups m))%nat ->
  rm_storage m = true -> iterators_ok m ->
  exists gs', (if (dst <? src)%nat then
      gs ← update_group (move_last 1) dst (rm_groups m);
      gs ← for_groups (move_iterators 1) (S dst) (src - S dst) gs;
      update_group (move_first 1) src gs
    else
      gs ← update_group (move_last (-1)) src (rm_groups m);
      gs ← for_groups (move_iterators (-1)) (S src) (dst - S src) gs;
      update_group (move_first (-1)) dst gs) = Ok gs'
    /\ length gs' = length (rm_groups m)
    /\ forall j g, rm_groups m !! j = Some g -> exists g', gs' !! j = Some g' /\ cg_name g' = cg_name g
       /\ cg_first g' = plus (b2z (dst <? j)%nat - b2z (src <? j)%nat) (cg_first g)
       /\ cg_last g' = plus (b2z (dst <? S j)%nat - b2z (src <? S j)%nat) (cg_last g).
Proof.
  intros Hne Hsl Hdl Hs Hi.
  assert (Hgen : forall k lo hi, (lo < hi)%nat -> (hi < length (rm_groups m))%nat ->
    exists gs', (gs ← update_group (move_last k) lo (rm_groups m); gs ← for_groups (move_iterators k) (S lo) (hi - S lo) gs;
                 update_group (move_first k) hi gs) = Ok gs' /\ length gs' = length (rm_groups m)
    /\ forall j g, rm_groups m !! j = Some g -> exists g', gs' !! j = Some g' /\ cg_name g' = cg_name g
       /\ cg_first g' = plus (if decide (lo < j <= hi)%nat then k else 0) (cg_first g)
       /\ cg_last g' = plus (if decide (lo <= j < hi)%nat then k else 0) (cg_last g)).
  { intros k lo hi Hlt Hhi. destruct (for_groups_ok (move_last k) (last_by k) lo 1 (rm_groups m)) as (gs1 & Heq1 & Hl1 & Hk1).
    { lia. } { intros j g Hj _. destruct (iterators_some _ _ _ Hs Hi Hj) as [_ Hb]. by eapply move_last_ok. }
    destruct (for_groups_ok (move_iterators k) (fun g => last_by k (first_by k g)) (S lo) (hi - S lo) gs1) as (gs2 & Heq2 & Hl2 & Hk2).
    { lia. } { intros j g Hj Hr. rewrite Hk1 in Hj. destruct (decide _) in Hj; [lia|]. destruct (iterators_some _ _ _ Hs Hi Hj). by eapply move_iterators_ok. }
    destruct (for_groups_ok (move_first k) (first_by k) hi 1 gs2) as (gs3 & Heq3 & Hl3 & Hk3).
    { lia. } { intros j g Hj Hr. rewrite Hk2, Hk1 in Hj. destruct (decide _) in Hj; [lia|]. destruct (decide _) in Hj; [lia|].
               destruct (iterators_some _ _ _ Hs Hi Hj). by eapply move_first_ok. }
    exists gs3. unfold update_group. rewrite Heq1. res_simpl. rewrite Heq2. res_simpl. split_and!; [done|lia|].
    intros j g Hj. rewrite Hk3, Hk2, Hk1, Hj. destruct (iterators_some _ _ _ Hs Hi Hj) as [Ha Hb].
    destruct (decide (hi <= j < hi + 1)%nat), (decide (S lo <= j < S lo + (hi - S lo))%nat), (decide (lo <= j < lo + 1)%nat); try lia;
      destruct (decide (lo < j <= hi)%nat), (decide (lo <= j < hi)%nat); try lia; eexists; (split; [done|]); cbn; rewrite Ha, Hb; cbn;
      rewrite ?Z.add_0_r; done. }
  destruct (Nat.ltb_spec dst src) as [Hlt|Hge].
  - destruct (Hgen 1 dst src Hlt Hsl) as (gs' & Heq & Hl & Hk). exists gs'. split_and!; try done. intros j g Hj.
    destruct (Hk j g Hj) as (g' & Hg' & Hn & Hf & Hla). exists g'. rewrite Hf, Hla. split_and!; try done; f_equal; unfold b2z;
      destruct (decide (dst < j <= src)%nat), (decide (dst <= j < src)%nat), (Nat.ltb_spec dst j), (Nat.ltb_spec src j),
        (Nat.ltb_spec dst (S j)), (Nat.ltb_spec src (S j)); lia.
  - destruct (Hgen (-1) src dst ltac:(lia) Hdl) as (gs' & Heq & Hl & Hk). exists gs'. split_and!; try done. intros j g Hj.
    destruct (Hk j g Hj) as (g' & Hg' & Hn & Hf & Hla). exists g'. rewrite Hf, Hla. split_and!; try done; f_equal; unfold b2z;
      destruct (decide (src < j <= dst)%nat), (decide (src <= j < dst)%nat), (Nat.ltb_spec dst j), (Nat.ltb_spec src j),
        (Nat.ltb_spec dst (S j)), (Nat.ltb_spec src (S j)); lia.
Qed.

Lemma set_group_ok m i e grp : manager_ok m -> rm_entries m !! i = Some e -> (grp < length (rm_groups m))%nat ->
  exists m', set_group i grp m = Ok m' /\ manager_ok m'
    /\ entry_groups (rm_entries m') = <[re_download e := grp]> (entry_groups (rm_entries m)).
Proof.
  intros Hm He Hgl. pose proof Hm as [Hu Hv Hnd Hs Hgr Hfew Hit Hst Hnm]. unfold set_group. rewrite He. res_simpl.
  pose proof (entry_groups_lookup _ _ _ Hnd He) as Hlook.
  destruct (Nat.eqb_spec (re_group e) grp) as [Heq|Hne]; [exists m; split_and!; [done..|by rewrite insert_id; subst]|].
  pose proof (proj1 (Forall_lookup _ _) Hgr _ _ He) as Hg. cbn in Hg. pose proof (not_empty_storage _ _ _ Hm He) as Hsto.
  rewrite (proj2 (throw_when_ok _ _ tt)) by (apply Nat.leb_gt; done). res_simpl. set (d := re_download e) in *.
  destruct (side_lookup _ _ _ _ _ Hu Hnd He) as (x & Hx & Hxg). destruct (side_lookup _ _ _ _ _ Hv Hnd He) as (y & Hy & Hyg).
  fold d in Hx, Hy. rewrite Hx. res_simpl. rewrite Hy. res_simpl.
  destruct (switch_side true (rm_up m) d x grp (so_world _ _ _ Hu) Hx ltac:(congruence) (side_queue _ _ _ _ Hu Hgl)) as (u' & -> & Hwu & Hdu & Hlu & Hmu & _).
  destruct (switch_side false (rm_down m) d y grp (so_world _ _ _ Hv) Hy ltac:(congruence) (side_queue _ _ _ _ Hv Hgl)) as (v' & Hjv & Hwv & Hdv & Hlv & Hmv & _).
  res_simpl. rewrite Hjv. res_simpl.
  destruct (set_group_iterators m (re_group e) grp Hne Hg Hgl Hsto Hit) as (gs' & -> & Hl2 & Hk2). res_simpl.
  destruct (entry_groups_delete i e (rm_entries m) Hnd He) as (Hnd' & Hnin & Hegr). fold d in Hnin, Hegr.
  set (l1 := delete i (rm_entries m)) in *. set (e' := RE d (re_priority e) grp). assert (Hs1 : by_group l1) by (by apply by_group_delete).
  assert (Hpos : find_after grp l1 0 = below (S grp) l1) by (rewrite <- (below_zero l1); apply find_after_below; [done|lia]).
  rewrite Hpos. set (n := below (S grp) l1).
  assert (Heg : entry_groups (take n l1 ++ e' :: drop n l1) = <[d := grp]> (entry_groups (rm_entries m))).
  { rewrite entry_groups_insert by done. rewrite Hegr. cbn. by rewrite insert_delete_eq. }
  eexists; split; [done|]. split; [|done]. constructor; cbn [rm_up rm_down rm_entries rm_storage rm_groups].
  - constructor; [done|cbn; rewrite Hlu, Hl2; apply Hu|cbn; rewrite Hmu; apply Hu|].
    rewrite Hdu, fmap_insert, (so_groups _ _ _ Hu). symmetry. exact Heg.
  - constructor; [done|cbn; rewrite Hlv, Hl2; apply Hv|cbn; rewrite Hmv; apply Hv|].
    rewrite Hdv, fmap_insert, (so_groups _ _ _ Hv). symmetry. exact Heg.
  - rewrite insert_perm. cbn. by constructor.
  - exact (by_group_insert e' l1 Hs1).
  - rewrite Hl2, insert_perm. constructor; [done|]. unfold l1. rewrite delete_take_drop. apply Forall_app.
    split; [by apply Forall_take|by apply Forall_drop].
  - unfold zlen in *. by rewrite Hl2.
  - intros j g Hj. cbn [rm_groups rm_entries] in *. assert (Hjl : (j < length (rm_groups m))%nat) by (apply lookup_lt_Some in Hj; lia).
    destruct (lookup_lt_is_Some_2 _ _ Hjl) as [gj Hgj]. destruct (Hk2 j gj Hgj) as (g' & Hg' & _ & Hf' & Hl').
    rewrite Hj in Hg'. simplify_eq. destruct (iterators_some _ _ _ Hsto Hit Hgj) as [Ha Hb]. unfold to_address. cbn [rm_storage]. rewrite Hsto.
    rewrite Hf', Hl', Ha, Hb. unfold plus. cbn [fmap option_fmap option_map].
    pose proof (below_delete j i e _ He) as Hb1. pose proof (below_delete (S j) i e _ He) as Hb2. fold l1 in Hb1, Hb2. rewrite !below_insert. cbn [re_group e'].
    split; f_equal; unfold b2z; repeat match goal with |- context [(?a <? ?b)%nat] => destruct (a <? b)%nat end; lia.
  - by rewrite Hsto.
  - rewrite (names_by_lookup (rm_groups m) gs'); [done|done|]. intros j g Hj. destruct (Hk2 j g Hj) as (g' & Hg' & Hn & _). eauto.
Qed.

(** ** The tick of the manager *)

Lemma foldl_unchoked l t : 0 <= t -> Forall (fun cq => 0 <= cq_currently_unchoked cq) l -> t + zsum cq_currently_unchoked l < 2 ^ 32 ->
  foldl (fun t cq => u32 (t + size_unchoked cq)) t l = t + zsum cq_currently_unchoked l.
Proof.
  revert t. induction l as [|cq l IH]; intros t Ht Hall Hlt; cbn [foldl]; [unfold zsum; cbn; lia|].
  apply Forall_cons in Hall as [Hc Hall]. unfold zsum in Hlt. cbn [foldr] in Hlt. fold (zsum cq_currently_unchoked l) in Hlt.
  assert (0 <= zsum cq_currently_unchoked l) by (apply zsum_nonneg; by apply Forall_forall).
  unfold size_unchoked at 2. rewrite u32_small by lia. rewrite IH by (done || lia). unfold zsum at 2. cbn [foldr].
  fold (zsum cq_currently_unchoked l). lia.
Qed.

(** The check at the end of the tick: the counter is the sum. *)
Lemma total_unchoked_counter is_up w : world_ok is_up w -> total_unchoked w = w_currently w.
Proof.
  intros Hw. pose proof (wi_lists _ _ _ Hw) as Hl. pose proof (total_unchoked_small _ _ _ Hl). pose proof (lo_few _ _ _ Hl).
  pose proof (lo_total _ _ _ Hl). unfold total_unchoked. rewrite foldl_unchoked; [lia|lia| |lia].
  apply Forall_forall. intros cq (i & Hi)%list_elem_of_lookup. apply (queue_counts_nonneg _ _ _ (lo_queue _ _ _ Hl _ _ Hi)).
Qed.

Lemma keeps_tick_side `{!Sorter} is_up env w w' : tick_side is_up env w = Ok w' -> keeps w w'.
Proof.
  assert (Ha : forall qs change w0 w n w', cycle_all is_up env qs change w = Ok (n, w') -> keeps w0 w -> keeps w0 w').
  { induction qs as [|q qs IH]; intros change w0 w1 n w1'; cbn [cycle_all]; intros Ho Hk; res_inv; [done|].
    destruct v as [v1 v2]. eapply IH; [exact Ho|]. eapply keeps_cycle; eassumption. }
  assert (Hq : forall qs quota weight change w0 w r w', cycle_quota is_up env qs quota weight change w = Ok (r, w') -> keeps w0 w -> keeps w0 w').
  { induction qs as [|q qs IH]; intros quota weight change w0 w1 r w1'; cbn [cycle_quota]; intros Ho Hk; res_inv; [done|].
    destruct v as [v1 v2]. res_inv. eapply IH; [exact Ho|]. eapply keeps_cycle; eassumption. }
  unfold tick_side, balance_unchoked. intros Ho. res_inv. destruct v as [n w1]. res_inv. apply keeps_set_currently.
  destruct (w_max w =? 0); [eapply Ha; [eassumption|apply keeps_refl]|].
  res_inv. destruct v as [[a b] w2]. res_inv. eapply Hq; [eassumption|apply keeps_refl].
Qed.

Lemma tick_side_ok `{!Sorter} is_up env m w : (forall n, 0 <= env_random env n) -> side_ok is_up m w -> zlen (rm_groups m) < 2 ^ 16 ->
  exists w', tick_side is_up env w = Ok w' /\ side_ok is_up m w' /\ w_currently w' = total_unchoked w'
    /\ (w_max w <> 0 -> no_minimum w -> w_currently w' <= w_max w).
Proof.
  intros Hr Hs Hf. pose proof (so_max _ _ _ Hs) as Hm. pose proof (so_queues _ _ _ Hs) as Hq.
  destruct (tick_side_spec is_up env Hr w (so_world _ _ _ Hs)) as (w' & Heq & Hw' & _ & _ & _ & Hb).
  { unfold zlen in *. rewrite Hq. lia. } { unfold is_u32. lia. }
  exists w'. split_and!; [done| |by rewrite (total_unchoked_counter is_up)|done].
  eapply side_keeps; [done|done|]. by eapply keeps_tick_side.
Qed.

Lemma side_ext is_up m m' w : rm_groups m' = rm_groups m -> rm_entries m' = rm_entries m -> side_ok is_up m w -> side_ok is_up m' w.
Proof. intros Hg He []. by constructor; rewrite ?Hg, ?He. Qed.

Lemma manager_sides m u v : manager_ok m -> side_ok true m u -> side_ok false m v -> manager_ok (set_down v (set_up u m)).
Proof. intros [] Hu Hv. constructor; try done; by apply (side_ext _ m). Qed.

Lemma receive_tick_ok `{!Sorter} up_env down_env m : manager_ok m -> (forall n, 0 <= env_random up_env n) -> (forall n, 0 <= env_random down_env n) ->
  exists m', receive_tick up_env down_env m = Ok m' /\ manager_ok m'
    /\ (w_max (rm_up m) <> 0 -> no_minimum (rm_up m) -> w_currently (rm_up m') <= w_max (rm_up m))
    /\ (w_max (rm_down m) <> 0 -> no_minimum (rm_down m) -> w_currently (rm_down m') <= w_max (rm_down m)).
Proof.
  intros Hm Hru Hrv. unfold receive_tick. rewrite (validate_ok m (mo_sorted _ Hm) (mo_iterators _ Hm)). res_simpl.
  destruct (tick_side_ok true up_env m _ Hru (mo_up _ Hm) (mo_few _ Hm)) as (u & -> & Hu & Hcu & Hbu). res_simpl.
  destruct (tick_side_ok false down_env m _ Hrv (mo_down _ Hm) (mo_few _ Hm)) as (v & -> & Hv & Hcv & Hbv). res_simpl.
  rewrite Hcu, Hcv, !Z.eqb_refl. cbn [negb]. res_simpl. eexists; split; [done|]. split_and!; [by apply manager_sides|done|done].
Qed.

Lemma set_max_ok is_up m w n : side_ok is_up m w -> 0 <= n <= 2 ^ 20 -> exists w', set_max_unchoked_slots n w = Ok w' /\ side_ok is_up m w'.
Proof.
  intros [Hw Hq Hm Hg] Hn. unfold set_max_unchoked_slots. rewrite (proj2 (throw_when_ok _ _ tt)) by (apply Z.ltb_ge; lia). res_simpl.
  eexists; split; [done|]. constructor; try done. apply (world_inv_lists is_up 0 0 w); try done; [|apply Hw].
  by eapply lists_ok_ext, (wi_lists _ _ _ Hw).
Qed.

(** A view of the entries that a change of priority does not touch. *)
Lemma set_priority_view {A} (f : resource_manager_entry -> A) m i pri :
  (forall e, f (RE (re_download e) pri (re_group e)) = f e) -> f <$> rm_entries (set_priority i pri m) = f <$> rm_entries m.
Proof.
  intros Hf. cbn. apply list_eq. intros j. rewrite !list_lookup_fmap. destruct (decide (j = i)) as [->|].
  - rewrite list_lookup_alter_eq. destruct (rm_entries m !! i); cbn; by rewrite ?Hf.
  - by rewrite list_lookup_alter_ne.
Qed.

Lemma below_view i l l' : re_group <$> l = re_group <$> l' -> below i l = below i l'.
Proof.
  intros He. unfold below. rewrite <- !(count_fmap (fun g => (g <? i)%nat) re_group). by rewrite He.
Qed.

Lemma by_group_view l l' : re_group <$> l = re_group <$> l' -> by_group l -> by_group l'.
Proof.
  intros He Hs. revert l' He. induction Hs as [|e l Hs IH Hall]; intros [|e' l'] He; try done; [constructor|].
  rewrite !fmap_cons in He. injection He as He1 He2. change (re_group <$> l = re_group <$> l') in He2. constructor; [by apply IH|]. rewrite Forall_forall in Hall |- *. intros a Ha.
  assert (Hin : re_group a ∈ re_group <$> l') by (apply list_elem_of_fmap; eauto).
  rewrite <- He2 in Hin. apply list_elem_of_fmap in Hin as (b & Hb & Hbl). rewrite Hb, <- He1. by apply Hall.
Qed.

Lemma set_priority_ok m i pri : manager_ok m -> manager_ok (set_priority i pri m).
Proof.
  intros [Hu Hv Hnd Hs Hgr Hfew Hit Hst Hnm].
  pose proof (set_priority_view re_group m i pri (fun e => eq_refl)) as Hg.
  pose proof (set_priority_view re_download m i pri (fun e => eq_refl)) as Hd.
  assert (Heg : entry_groups (rm_entries (set_priority i pri m)) = entry_groups (rm_entries m)).
  { unfold entry_groups. f_equal. by apply (set_priority_view (fun e => (re_download e, re_group e))). }
  constructor; try done.
  - destruct Hu. constructor; try done. by rewrite Heg.
  - destruct Hv. constructor; try done. by rewrite Heg.
  - by rewrite Hd.
  - by apply (by_group_view (rm_entries m)).
  - rewrite <- (Forall_fmap re_group (fun g => (g < length (rm_groups m))%nat)) in Hgr |- *. change (rm_groups (set_priority i pri m)) with (rm_groups m).
    by rewrite Hg.
  - intros j g Hj. rewrite (below_view j _ _ Hg), (below_view (S j) _ _ Hg). by apply Hit.
  - intros Hf. cbn. by rewrite (Hst Hf).
Qed.

(** ** Calls of the manager *)

Inductive manager_call :=
  | Insert (e : resource_manager_entry) (up down : group_entry)
  | Erase (d : nat)
  | PushGroup (name : string)
  | SetPriority (i : nat) (pri : Z)
  | SetGroup (i g : nat)
  | SetMaxUpload (n : Z)
  | SetMaxDownload (n : Z)
  | UpCall (env : environment) (k : call)
  | DownCall (env : environment) (k : call)
  | Tick (up_env down_env : environment).

Definition run_manager `{!Sorter} (k : manager_call) (m : manager) : res manager :=
  match k with
  | Insert e up down => insert e up down m
  | Erase d => erase d m
  | PushGroup name => push_group name m
  | SetPriority i pri => Ok (set_priority i pri m)
  | SetGroup i g => set_group i g m
  | SetMaxUpload n => set_max_upload_unchoked n m
  | SetMaxDownload n => set_max_download_unchoked n m
  | UpCall env k => w ← run_call true env k (rm_up m); Ok (set_up w m)
  | DownCall env k => w ← run_call false env k (rm_down m); Ok (set_down w m)
  | Tick eu ed => receive_tick eu ed m
  end.

(** What the callers ensure. *)
Definition manager_allowed (k : manager_call) (m : manager) : Prop :=
  match k with
  | Insert e up down => (re_download e ∉ re_download <$> rm_entries m) /\ (re_group e < length (rm_groups m))%nat
      /\ empty_entry up /\ empty_entry down
  | Erase d => d ∈ re_download <$> rm_entries m /\ no_connections d (rm_up m) /\ no_connections d (rm_down m)
  | PushGroup name => name <> String.EmptyString /\ (name ∉ cg_name <$> rm_groups m) /\ zlen (rm_groups m) + 1 < 2 ^ 16
  | SetPriority _ _ => True
  | SetGroup i g => is_Some (rm_entries m !! i) /\ (g < length (rm_groups m))%nat
  | SetMaxUpload n | SetMaxDownload n => 0 <= n <= 2 ^ 20
  | UpCall env k => call_allowed true env k (rm_up m)
  | DownCall env k => call_allowed false env k (rm_down m)
  | Tick eu ed => (forall n, 0 <= env_random eu n) /\ forall n, 0 <= env_random ed n
  end.

Lemma set_up_ok m w : manager_ok m -> side_ok true m w -> manager_ok (set_up w m).
Proof. intros Hm Hw. pose proof (manager_sides m w (rm_down m) Hm Hw (mo_down _ Hm)) as H1. by destruct m. Qed.

Lemma set_down_ok m w : manager_ok m -> side_ok false m w -> manager_ok (set_down w m).
Proof. intros Hm Hw. pose proof (manager_sides m (rm_up m) w Hm (mo_up _ Hm) Hw) as H1. by destruct m. Qed.

(** ** A group pushed after all entries were erased

    The vector keeps its storage then, but the new group gets null pointers.
    Everything else of the manager is as it should be, and what the pointers
    should be is what [update_group_iterators] would make of them. *)
Record stale (m : manager) : Prop := {
  st_entries : rm_entries m = [];
  st_storage : rm_storage m = true;
  st_null : exists i g, rm_groups m !! i = Some g /\ cg_first g = None;
  st_else : manager_ok (update_group_iterators m);
}.

Lemma update_from_view m m' gs : rm_entries m' = rm_entries m -> rm_storage m' = rm_storage m ->
  forall i pos, update_from m' i pos gs = update_from m i pos gs.
Proof. intros He Hs. induction gs as [|g gs IH]; intros i pos; cbn [update_from]; [done|]. by rewrite IH, He; unfold to_address; rewrite Hs. Qed.

Lemma update_from_twice m m' gs : forall i pos i' pos', update_from m i pos (update_from m' i' pos' gs) = update_from m i pos gs.
Proof. induction gs as [|g gs IH]; intros; cbn [update_from]; [done|]. by rewrite IH. Qed.

Lemma update_set_up w m : update_group_iterators (set_up w m) = set_up w (update_group_iterators m).
Proof. unfold update_group_iterators. rewrite (update_from_view m (set_up w m)) by done. done. Qed.

Lemma update_set_down w m : update_group_iterators (set_down w m) = set_down w (update_group_iterators m).
Proof. unfold update_group_iterators. rewrite (update_from_view m (set_down w m)) by done. done. Qed.

Lemma update_updated u v l st m gs : update_group_iterators (RM u v l st (update_from m 0 0 gs)) = update_group_iterators (RM u v l st gs).
Proof. unfold update_group_iterators, set_groups. cbn [rm_groups rm_up rm_down rm_entries rm_storage]. rewrite update_from_twice. f_equal. by apply update_from_view. Qed.

(** Inserting an entry sets all pointers anew. *)
Lemma insert_updated e up down m : insert e up down (update_group_iterators m) = insert e up down m.
Proof.
  unfold insert. change (rm_groups (update_group_iterators m)) with (update_from m 0 0 (rm_groups m)).
  cbn [rm_groups rm_up rm_down rm_entries rm_storage]. rewrite update_from_length.
  change (find_group_end (re_group e) (update_group_iterators m)) with (find_group_end (re_group e) m).
  change (rm_up (update_group_iterators m)) with (rm_up m). change (rm_down (update_group_iterators m)) with (rm_down m).
  change (rm_entries (update_group_iterators m)) with (rm_entries m).
  destruct (throw_when _ _) as [[]| |]; [|done|done]. res_simpl. rewrite !update_set_down, !update_set_up.
  by rewrite !update_updated.
Qed.

Lemma updated_ok m : (forall gs, manager_ok (set_groups gs m) -> cg_name <$> gs = cg_name <$> rm_groups m -> manager_ok (update_group_iterators m)).
Proof.
  intros gs [Hu Hv Hnd Hs Hgr Hfew Hit Hst Hnm] Hn. assert (Hl : length gs = length (rm_groups m)) by (by rewrite <- (length_fmap cg_name gs), Hn, length_fmap).
  assert (Hul : length (rm_groups (update_group_iterators m)) = length gs) by (rewrite Hl; apply update_from_length).
  constructor; try done.
  - destruct Hu. constructor; try done. by rewrite Hul.
  - destruct Hv. constructor; try done. by rewrite Hul.
  - eapply Forall_impl; [exact Hgr|]. cbn. intros e He. cbn in Hul. rewrite Hul. done.
  - unfold zlen in *. rewrite Hul. done.
  - intros i g Hi. unfold update_group_iterators in Hi. cbn [set_groups rm_groups] in Hi. pose proof (below_zero (rm_entries m)) as Hz.
    rewrite <- Hz in Hi at 2. apply update_from_lookup in Hi; [|done]. destruct Hi as (g0 & _ & _ & Hf & Hla). done.
  - unfold update_group_iterators. cbn [set_groups rm_groups]. rewrite update_from_names, <- Hn. done.
Qed.

Lemma updated_self m : manager_ok m -> manager_ok (update_group_iterators m).
Proof. intros Hm. apply (updated_ok m (rm_groups m)); [|done]. by destruct m. Qed.

(** Whatever the pointers of the other groups, those of the new one are null. *)
Lemma push_group_stale m name : manager_ok (update_group_iterators m) -> rm_entries m = [] -> rm_storage m = true ->
  name <> String.EmptyString -> name ∉ cg_name <$> rm_groups m -> zlen (rm_groups m) + 1 < 2 ^ 16 ->
  exists m', push_group name m = Ok m' /\ stale m'.
Proof.
  intros Hm He Hs Hn Hdup Hfew. unfold push_group. rewrite (proj2 (throw_when_ok _ _ tt)).
  2:{ apply orb_false_iff. split; [by apply bool_decide_eq_false_2|]. apply not_true_is_false. intros Hex.
      apply existsb_exists in Hex as (g & Hg & Hge). apply bool_decide_eq_true_1 in Hge. apply Hdup.
      apply list_elem_of_fmap. exists g. split; [done|]. by apply list_elem_of_In. }
  res_simpl. rewrite He. eexists; split; [done|]. set (m' := RM _ _ _ _ _). constructor; try done.
  - exists (length (rm_groups m)). eexists. split; [by apply list_lookup_middle|done].
  - pose proof Hm as [Hu Hv Hnd Hso Hgr Hf Hit Hst Hnm]. unfold update_group_iterators in *. cbn [set_groups rm_up rm_down rm_entries rm_groups rm_storage] in *.
    rewrite update_from_names in Hnm. unfold zlen in Hf. rewrite update_from_length in Hf.
    apply (updated_ok m' (update_from m 0 0 (rm_groups m) ++ [CG name TRACKER_MODE_NORMAL (Some 0) (Some 0)])).
    2:{ unfold m'. cbn [rm_groups]. rewrite !fmap_app, update_from_names. done. }
    constructor; unfold m'; cbn [set_groups rm_up rm_down rm_entries rm_groups rm_storage]; try done; try (by constructor).
    1:constructor; try apply Hu. 4:constructor; try apply Hv.
    + cbn. apply push_queue_ok; [apply Hu|done].
    + cbn. rewrite !length_app, (so_queues _ _ _ Hu). cbn. by rewrite update_from_length.
    + cbn. rewrite (so_groups _ _ _ Hu). cbn. by rewrite He.
    + cbn. apply push_queue_ok; [apply Hv|done].
    + cbn. rewrite !length_app, (so_queues _ _ _ Hv). cbn. by rewrite update_from_length.
    + cbn. rewrite (so_groups _ _ _ Hv). cbn. by rewrite He.
    + unfold zlen. rewrite length_app, update_from_length. unfold zlen in Hfew. cbn. lia.
    + intros j g Hj. cbn [set_groups rm_groups rm_entries] in *. rewrite !below_none by constructor. unfold to_address. cbn. rewrite Hs.
      apply lookup_app_Some in Hj as [Hj|[_ Hj]].
      * destruct (Hit j g Hj) as [-> ->]. unfold to_address. cbn [set_groups rm_storage rm_entries]. by rewrite Hs, He.
      * apply list_lookup_singleton_Some in Hj as [_ <-]. done.
    + rewrite fmap_app, update_from_names. cbn. apply NoDup_app. split_and!; [done| |apply NoDup_singleton].
      intros a Ha Ha2%list_elem_of_singleton. congruence.
Qed.

(** The next tick throws. *)
Lemma validate_stale m gs : rm_entries m = [] -> rm_storage m = true -> (exists i g, gs !! i = Some g /\ cg_first g = None) ->
  forall i, validate_from m i 0 gs = Throw internal_error.
Proof.
  intros He Hs. induction gs as [|g gs IH]; intros (j & g0 & Hj & Hg0) i; [done|]. cbn [validate_from]. unfold to_address. rewrite Hs.
  destruct (decide (cg_first g = Some (Z.of_nat 0))) as [Hf|Hf].
  2:{ rewrite (bool_decide_eq_false_2 _ Hf). done. }
  rewrite (bool_decide_eq_true_2 _ Hf). cbn [negb]. res_simpl. assert (Hn : find_after i (rm_entries m) 0 = 0%nat) by (by rewrite He).
  rewrite Hn. destruct (decide (cg_last g = Some (Z.of_nat 0))) as [Hl|Hl].
  2:{ rewrite (bool_decide_eq_false_2 _ Hl). done. }
  rewrite (bool_decide_eq_true_2 _ Hl). cbn [negb]. res_simpl. apply IH. destruct j as [|j]; [|by exists j, g0].
  injection Hj as ->. congruence.
Qed.

Lemma stale_tick `{!Sorter} eu ed m : stale m -> receive_tick eu ed m = Throw internal_error.
Proof. intros [He Hs Hn _]. unfold receive_tick, validate_group_iterators. by rewrite validate_stale. Qed.

Definition is_tick (k : manager_call) : bool := match k with Tick _ _ => true | _ => false end.

Lemma stale_sides m u v : stale m -> manager_ok (update_group_iterators (set_down v (set_up u m))) -> stale (set_down v (set_up u m)).
Proof. intros [He Hs Hn Ho] Hm. by constructor. Qed.

(** Every other call leaves such a manager as it is, or mends it. *)
Lemma stale_call_ok `{!Sorter} k m : stale m -> manager_allowed k m -> is_tick k = false ->
  exists m', run_manager k m = Ok m' /\ (manager_ok m' \/ stale m').
Proof.
  intros Hm Ha Ht. pose proof Hm as [He Hs Hn Ho]. pose proof (mo_up _ Ho) as Hu. pose proof (mo_down _ Ho) as Hv.
  destruct k as [e up down|d|name|i pri|i g|n|n|env k|env k|eu ed]; cbn [run_manager manager_allowed] in *; try done.
  - destruct Ha as (Hd & Hg & Hup & Hdn). rewrite <- insert_updated.
    destruct (insert_entry_ok (update_group_iterators m) e up down Ho) as (m' & -> & ?); try done; [|by eexists; split; [|left]].
    change (re_group e < length (update_from m 0 0 (rm_groups m)))%nat. by rewrite update_from_length.
  - destruct Ha as [Ha _]. rewrite He in Ha. by apply elem_of_nil in Ha.
  - destruct Ha as (Hne & Hdup & Hf). destruct (push_group_stale m name Ho He Hs Hne Hdup Hf) as (m' & -> & ?). eexists; split; [done|by right].
  - eexists; split; [done|]. right. unfold set_priority. rewrite He. cbn. unfold set_entries. destruct m; cbn in *. by subst.
  - destruct Ha as [[e Hx] _]. by rewrite He in Hx.
  - destruct (set_max_ok true (update_group_iterators m) (rm_up m) n Hu Ha) as (w & Heq & Hw). unfold set_max_upload_unchoked. rewrite Heq. res_simpl.
    eexists; split; [done|]. right. constructor; try done. rewrite update_set_up. by apply set_up_ok.
  - destruct (set_max_ok false (update_group_iterators m) (rm_down m) n Hv Ha) as (w & Heq & Hw). unfold set_max_download_unchoked. rewrite Heq. res_simpl.
    eexists; split; [done|]. right. constructor; try done. rewrite update_set_down. by apply set_down_ok.
  - destruct (call_ok true env k (rm_up m) (so_world _ _ _ Hu) Ha) as (w & Heq & Hw). rewrite Heq. res_simpl. eexists; split; [done|]. right.
    constructor; try done. rewrite update_set_up. apply set_up_ok; [done|]. eapply side_keeps; [exact Hu|done|]. by eapply call_keeps.
  - destruct (call_ok false env k (rm_down m) (so_world _ _ _ Hv) Ha) as (w & Heq & Hw). rewrite Heq. res_simpl. eexists; split; [done|]. right.
    constructor; try done. rewrite update_set_down. apply set_down_ok; [done|]. eapply side_keeps; [exact Hv|done|]. by eapply call_keeps.
Qed.

Lemma manager_call_ok `{!Sorter} k m : manager_ok m -> manager_allowed k m -> exists m', run_manager k m = Ok m' /\ (manager_ok m' \/ stale m').
Proof.
  intros Hm Ha. assert (Hc : (exists m', run_manager k m = Ok m' /\ manager_ok m') \/ exists m', run_manager k m = Ok m' /\ stale m').
  2:{ destruct Hc as [(m' & ? & ?)|(m' & ? & ?)]; eauto. }
  revert Ha. destruct k as [e up down|d|name|i pri|i g|n|n|env k|env k|eu ed]; cbn [run_manager manager_allowed].
  - intros (Hd & Hg & Hu & Hv). left. by apply insert_entry_ok.
  - intros (Hd & Hu & Hv). left. destruct (erase_ok m d Hm Hd Hu Hv) as (m' & ? & ? & _). eauto.
  - intros (Hn & Hdup & Hf). destruct (rm_storage m) eqn:Hs; [|left; apply push_group_ok; auto].
    destruct (rm_entries m) eqn:He; [right; apply push_group_stale; auto using updated_self|left; apply push_group_ok; try done; left; by rewrite He].
  - intros _. left. eexists; split; [done|]. by apply set_priority_ok.
  - intros [[e He] Hg]. left. destruct (set_group_ok m i e g Hm He Hg) as (m' & ? & ? & _). eauto.
  - intros Hn. left. destruct (set_max_ok true m (rm_up m) n (mo_up _ Hm) Hn) as (w & Heq & Hw). unfold set_max_upload_unchoked. rewrite Heq. res_simpl.
    eexists; split; [done|]. by apply set_up_ok.
  - intros Hn. left. destruct (set_max_ok false m (rm_down m) n (mo_down _ Hm) Hn) as (w & Heq & Hw). unfold set_max_download_unchoked. rewrite Heq. res_simpl.
    eexists; split; [done|]. by apply set_down_ok.
  - intros Ha. left. destruct (call_ok true env k (rm_up m) (so_world _ _ _ (mo_up _ Hm)) Ha) as (w & Heq & Hw). rewrite Heq. res_simpl.
    eexists; split; [done|]. apply set_up_ok; [done|]. eapply side_keeps; [apply Hm|done|]. by eapply call_keeps.
  - intros Ha. left. destruct (call_ok false env k (rm_down m) (so_world _ _ _ (mo_down _ Hm)) Ha) as (w & Heq & Hw). rewrite Heq. res_simpl.
    eexists; split; [done|]. apply set_down_ok; [done|]. eapply side_keeps; [apply Hm|done|]. by eapply call_keeps.
  - intros [Hu Hv]. left. destruct (receive_tick_ok eu ed m Hm Hu Hv) as (m' & ? & ? & _). eauto.
Qed.

(** [ResourceManager()]: no group, no entry, no storage. *)
Definition empty_world : world := World ∅ ∅ [] 0 0 0.
Definition new_manager : manager := RM empty_world empty_world [] false [].

Lemma empty_world_ok is_up : world_ok is_up empty_world.
Proof. constructor; [constructor; cbn; try done; try (intros ? ?; by rewrite lookup_empty)|..]; cbn; done. Qed.

Lemma new_manager_ok : manager_ok new_manager.
Proof. constructor; try done; try constructor; try apply empty_world_ok; try done; constructor. Qed.

(** States the manager can be in. *)
Inductive reachable `{!Sorter} : manager -> Prop :=
  | reachable_new : reachable new_manager
  | reachable_call k m m' : reachable m -> manager_allowed k m -> run_manager k m = Ok m' -> reachable m'.

Lemma reachable_ok `{!Sorter} m : reachable m -> manager_ok m \/ stale m.
Proof.
  induction 1 as [|k m m' _ IH Ha Hr]; [left; apply new_manager_ok|]. destruct IH as [IH|IH].
  - destruct (manager_call_ok k m IH Ha) as (m'' & Heq & Hok). congruence.
  - destruct (is_tick k) eqn:Ht; [destruct k; try done; cbn in Hr; by rewrite stale_tick in Hr|].
    destruct (stale_call_ok k m IH Ha Ht) as (m'' & Heq & Hok). congruence.
Qed.

(** Two states exclude each other: a valid manager has no null pointer while
    its vector has storage. *)
Lemma stale_not_ok m : stale m -> ~ manager_ok m.
Proof.
  intros [He Hs (i & g & Hi & Hg) _] Hm. destruct (mo_iterators _ Hm i g Hi) as [Hf _]. rewrite Hf in Hg. unfold to_address in Hg. by rewrite Hs in Hg.
Qed.

(** ** Theorems *)


(** After a tick neither side has more connections unchoked than the
    limit of the manager, when there is one and no download of the side asks
    for a minimum of slots. *)
Theorem tick_within_max `{!Sorter} up_env down_env m : manager_ok m ->
  (forall n, 0 <= env_random up_env n) -> (forall n, 0 <= env_random down_env n) ->
  exists m', receive_tick up_env down_env m = Ok m'
    /\ (w_max (rm_up m) <> 0 -> no_minimum (rm_up m) -> w_currently (rm_up m') <= w_max (rm_up m))
    /\ (w_max (rm_down m) <> 0 -> no_minimum (rm_down m) -> w_currently (rm_down m') <= w_max (rm_down m)).
Proof.
  intros Hm Hu Hv. destruct (receive_tick_ok up_env down_env m Hm Hu Hv) as (m' & ? & _ & ? & ?). eauto.
Qed.

(** Moving a download to another choke group changes its group and no
    other, keeps the manager's invariant, and so every count of every queue. *)
Theorem set_group_moves m i e grp : manager_ok m -> rm_entries m !! i = Some e -> (grp < length (rm_groups m))%nat ->
  exists m', set_group i grp m = Ok m' /\ manager_ok m'
    /\ entry_groups (rm_entries m') = <[re_download e := grp]> (entry_groups (rm_entries m)).
Proof. apply set_group_ok. Qed.

(** The iterators of a group pushed when every entry has been erased are null,
    and those of the vector are not: the next tick throws. *)
Theorem push_group_after_erase `{!Sorter} m name up_env down_env : rm_entries m = [] -> rm_storage m = true ->
  manager_ok m -> name <> String.EmptyString -> name ∉ cg_name <$> rm_groups m -> zlen (rm_groups m) + 1 < 2 ^ 16 ->
  exists m', push_group name m = Ok m' /\ receive_tick up_env down_env m' = Throw internal_error.
Proof.
  intros He Hs Hm Hn Hdup Hf. destruct (push_group_stale m name (updated_self m Hm) He Hs Hn Hdup Hf) as (m' & Heq & Hst).
  exists m'. split; [done|]. by apply stale_tick.
Qed.

(** ** Concrete managers *)

Definition default_entry : group_entry := new_entry.

(** One group, one download inserted and erased, a second group: a tick then
    throws. *)
Example second_group_throws :
  (m ← push_group "a" new_manager;
   m ← insert (RE 0 1 0) default_entry default_entry m;
   m ← erase 0 m;
   m ← push_group "b" m;
   receive_tick quiet quiet m) = Throw internal_error.
Proof. vm_compute. reflexivity. Qed.

Definition queued_peer (d : nat) : peer := Peer (CS d true false false 0) false false false false false.

(** Two groups under a limit of two unchoked connections; the download of the
    first asks for a minimum of three. *)
Definition over_world : world :=
  World {[ 0%nat := queued_peer 0; 1%nat := queued_peer 0; 2%nat := queued_peer 0;
           3%nat := queued_peer 1; 4%nat := queued_peer 1; 5%nat := queued_peer 1; 6%nat := queued_peer 1 ]}
        {[ 0%nat := Download 0 (GE unlimited 3 [WC 0 0; WC 1 0; WC 2 0] []) 0;
           1%nat := Download 1 (GE unlimited 0 [WC 3 0; WC 4 0; WC 5 0; WC 6 0] []) 0 ]}
        [CQ 0 HEURISTICS_UPLOAD_LEECH unlimited 3 0 [0%nat]; CQ 0 HEURISTICS_UPLOAD_LEECH unlimited 4 0 [1%nat]] 0 2 0.

(** The quota left after the first group is [2 - 3] as an unsigned number, so
    the second group unchokes everybody. *)
Example quota_wraps : option_map (fun w => (w_max w, w_currently w, cq_currently_unchoked <$> w_queues w))
  (match tick_side true quiet over_world with Ok w => Some w | _ => None end) = Some (2, 7, [3; 4]).
Proof. vm_compute. reflexivity. Qed.

Lemma default_empty : empty_entry default_entry.
Proof. split_and!; [done|done|unfold is_u32; cbn; unfold unlimited; lia|unfold is_u32; cbn; lia]. Qed.

(** A group, a download in it, a second group, a limit of one upload slot and
    an interested connection. *)
Definition after (k : manager_call) (m : manager) : manager := res_value new_manager (run_manager k m).
Definition manager1 : manager := after (PushGroup "a") new_manager.
Definition manager2 : manager := after (Insert (RE 0 1 0) default_entry default_entry) manager1.
Definition manager3 : manager := after (PushGroup "b") manager2.
Definition manager4 : manager := after (SetMaxUpload 1) manager3.
Definition manager5 : manager := after (UpCall quiet (Connect 0 0 false)) manager4.

Lemma reachable1 : reachable manager1.
Proof.
  eapply (reachable_call (PushGroup "a")); [apply reachable_new| |reflexivity].
  cbn. split_and!; [done|by intros Hin%elem_of_nil|done].
Qed.

Lemma reachable2 : reachable manager2.
Proof.
  eapply (reachable_call (Insert (RE 0 1 0) default_entry default_entry)); [apply reachable1| |vm_compute; reflexivity].
  cbn [manager_allowed].
  assert (rm_entries manager1 = []) as -> by reflexivity. assert (length (rm_groups manager1) = 1%nat) as -> by reflexivity.
  split_and!; [by intros Hin%elem_of_nil|cbn; lia|apply default_empty..].
Qed.

Lemma reachable3 : reachable manager3.
Proof.
  eapply (reachable_call (PushGroup "b")); [apply reachable2| |vm_compute; reflexivity]. cbn [manager_allowed].
  assert (cg_name <$> rm_groups manager2 = ["a"%string]) as -> by reflexivity.
  split_and!; [done|by intros Hin%list_elem_of_singleton|done].
Qed.

Lemma reachable4 : reachable manager4.
Proof. eapply (reachable_call (SetMaxUpload 1)); [apply reachable3|cbn [manager_allowed]; lia|vm_compute; reflexivity]. Qed.

Lemma reachable5 : reachable manager5.
Proof.
  eapply (reachable_call (UpCall quiet (Connect 0 0 false))); [apply reachable4| |vm_compute; reflexivity].
  cbn [manager_allowed call_allowed]. split_and!; [reflexivity|by eexists|vm_compute; reflexivity].
Qed.

Lemma manager5_ok : manager_ok manager5.
Proof. destruct (reachable_ok manager5 reachable5) as [Hm|[He _ _ _]]; [done|]. vm_compute in He. discriminate He. Qed.


Lemma tick_within_max_witness : exists m', receive_tick quiet quiet manager5 = Ok m'
    /\ (w_max (rm_up manager5) <> 0 -> no_minimum (rm_up manager5) -> w_currently (rm_up m') <= w_max (rm_up manager5))
    /\ (w_max (rm_down manager5) <> 0 -> no_minimum (rm_down manager5) -> w_currently (rm_down m') <= w_max (rm_down manager5)).
Proof. apply (tick_within_max quiet quiet manager5); [apply manager5_ok|cbn; lia|cbn; lia]. Defined.

Lemma set_group_moves_witness : exists m', set_group 0 1 manager5 = Ok m' /\ manager_ok m'
    /\ entry_groups (rm_entries m') = <[0%nat := 1%nat]> (entry_groups (rm_entries manager5)).
Proof.
  apply (set_group_moves manager5 0 (RE 0 1 0) 1); [apply manager5_ok|reflexivity|].
  assert (length (rm_groups manager5) = 2%nat) as -> by reflexivity. lia.
Defined.

End ResourceManager.
