(* ===== verification/Tracker.v ===== *)
(** * Trackers (src/torrent/tracker/tracker_state.cc, tracker.cc,
      src/tracker/tracker_list.cc, tracker_worker.cc)

    Module [TrackerState]: what is known of a tracker, the flags of its request
    and the times of the next one.  Module [TrackerList]: the trackers of a
    torrent, in groups, and what the list does with their replies.

    A [tracker] is the shared pointer to a worker with the constants of the
    worker; the states of the workers, which the tracker thread changes too,
    are a store.  Calls of the list run in the main thread; requests to the
    workers are callbacks queued for the tracker thread, and the replies come
    back as calls of the list.  Every access to a state is locked, so the calls
    are taken to be atomic. *)

From S2P Require Import Prelude Scheduler Object Bencode ProtocolBase SocketAddress Utils.

Module TrackerState.

Inductive event_enum := EVENT_NONE | EVENT_COMPLETED | EVENT_STARTED | EVENT_STOPPED | EVENT_SCRAPE.
#[export] Instance event_enum_eq_dec : EqDecision event_enum.
Proof. solve_decision. Defined.

Definition flag_enabled : Z := 1.
Definition flag_deleted : Z := 2.
Definition flag_requesting : Z := 4.
Definition flag_starting_request : Z := 8.
Definition flag_extra_tracker : Z := 16.
Definition flag_scrapable : Z := 32.
Definition flag_disownable : Z := 64.

(** Times are seconds; the code keeps them in 64 bits. *)
Definition default_min_interval : Z := 600.
Definition min_min_interval : Z := 300.
Definition max_min_interval : Z := 4 * 3600.
Definition default_normal_interval : Z := 1800.
Definition min_normal_interval : Z := 600.
Definition max_normal_interval : Z := 8 * 3600.

Record TrackerCounters := Counters {
  success_time_last : Z; success_counter : Z;
  failed_time_last : Z; failed_counter : Z;
  scrape_time_last : Z; scrape_counter : Z }.

Record TrackerState := State {
  m_flags : Z;
  m_normal_interval : Z;
  m_min_interval : Z;
  m_latest_event : event_enum;
  m_latest_new_peers : Z;
  m_latest_new_peers_delta : Z;
  m_latest_sum_peers : Z;
  m_counters : TrackerCounters;
  m_scrape_complete : Z;
  m_scrape_incomplete : Z;
  m_scrape_downloaded : Z }.

Definition new_state (flags : Z) : TrackerState :=
  State flags min_normal_interval min_min_interval EVENT_NONE 0 0 0 (Counters 0 0 0 0 0 0) 0 0 0.

Definition has_flag (f : Z) (flags : Z) : bool := negb (Z.land flags f =? 0).
Definition add_flag (f : Z) (flags : Z) : Z := Z.lor flags f.
Definition remove_flag (f : Z) (flags : Z) : Z := Z.land flags (Z.lnot f).

Definition set_flags (flags : Z) (s : TrackerState) : TrackerState :=
  State flags (m_normal_interval s) (m_min_interval s) (m_latest_event s) (m_latest_new_peers s)
    (m_latest_new_peers_delta s) (m_latest_sum_peers s) (m_counters s) (m_scrape_complete s) (m_scrape_incomplete s) (m_scrape_downloaded s).
Definition set_latest_event (e : event_enum) (s : TrackerState) : TrackerState :=
  State (m_flags s) (m_normal_interval s) (m_min_interval s) e (m_latest_new_peers s)
    (m_latest_new_peers_delta s) (m_latest_sum_peers s) (m_counters s) (m_scrape_complete s) (m_scrape_incomplete s) (m_scrape_downloaded s).
Definition set_intervals (normal min : Z) (s : TrackerState) : TrackerState :=
  State (m_flags s) normal min (m_latest_event s) (m_latest_new_peers s)
    (m_latest_new_peers_delta s) (m_latest_sum_peers s) (m_counters s) (m_scrape_complete s) (m_scrape_incomplete s) (m_scrape_downloaded s).
Definition set_peers (new delta sum : Z) (s : TrackerState) : TrackerState :=
  State (m_flags s) (m_normal_interval s) (m_min_interval s) (m_latest_event s) new delta sum
    (m_counters s) (m_scrape_complete s) (m_scrape_incomplete s) (m_scrape_downloaded s).
Definition set_counters (c : TrackerCounters) (s : TrackerState) : TrackerState :=
  State (m_flags s) (m_normal_interval s) (m_min_interval s) (m_latest_event s) (m_latest_new_peers s)
    (m_latest_new_peers_delta s) (m_latest_sum_peers s) c (m_scrape_complete s) (m_scrape_incomplete s) (m_scrape_downloaded s).
Definition set_scrape (complete incomplete downloaded : Z) (s : TrackerState) : TrackerState :=
  State (m_flags s) (m_normal_interval s) (m_min_interval s) (m_latest_event s) (m_latest_new_peers s)
    (m_latest_new_peers_delta s) (m_latest_sum_peers s) (m_counters s) complete incomplete downloaded.

Definition is_enabled (s : TrackerState) : bool := has_flag flag_enabled (m_flags s).
Definition is_deleted (s : TrackerState) : bool := has_flag flag_deleted (m_flags s).
Definition is_requesting (s : TrackerState) : bool := has_flag flag_requesting (m_flags s).
Definition is_starting_request (s : TrackerState) : bool := has_flag flag_starting_request (m_flags s).
Definition is_extra_tracker (s : TrackerState) : bool := has_flag flag_extra_tracker (m_flags s).
Definition is_scrapable (s : TrackerState) : bool := has_flag flag_scrapable (m_flags s).
Definition is_disownable (s : TrackerState) : bool := has_flag flag_disownable (m_flags s).
Definition is_in_use (s : TrackerState) : bool := is_enabled s && negb (success_counter (m_counters s) =? 0).

Definition clear_stats (s : TrackerState) : TrackerState :=
  let c := m_counters s in
  set_peers 0 (m_latest_new_peers_delta s) 0
    (set_counters (Counters (success_time_last c) 0 (failed_time_last c) 0 (scrape_time_last c) 0) s).

Definition set_normal_interval (v : Z) (s : TrackerState) : TrackerState :=
  set_intervals (Z.min (Z.max min_normal_interval v) max_normal_interval) (m_min_interval s) s.
Definition set_min_interval (v : Z) (s : TrackerState) : TrackerState :=
  set_intervals (m_normal_interval s) (Z.min (Z.max min_min_interval v) max_min_interval) s.

Definition add_success_request (time : Z) (s : TrackerState) : TrackerState :=
  let c := m_counters s in
  set_counters (Counters time (u32 (success_counter c + 1)) (failed_time_last c) 0 (scrape_time_last c) (scrape_counter c)) s.
Definition add_failed_request (time : Z) (s : TrackerState) : TrackerState :=
  let c := m_counters s in
  set_counters (Counters (success_time_last c) (success_counter c) time (u32 (failed_counter c + 1)) (scrape_time_last c) (scrape_counter c)) s.
Definition add_scrape_request (time : Z) (s : TrackerState) : TrackerState :=
  let c := m_counters s in
  set_counters (Counters (success_time_last c) (success_counter c) (failed_time_last c) (failed_counter c) time (u32 (scrape_counter c + 1))) s.

Definition success_time_next (s : TrackerState) : Z :=
  if success_counter (m_counters s) =? 0 then 0
  else success_time_last (m_counters s) + Z.max (m_normal_interval s) min_normal_interval.

Definition failed_time_next (s : TrackerState) : Z :=
  let c := m_counters s in
  if failed_counter c =? 0 then Z.min (m_min_interval s) min_min_interval
  else if min_min_interval <? m_min_interval s then failed_time_last c + m_min_interval s
  else
    let shift := Z.min (u32 (failed_counter c - 1)) 6 in
    failed_time_last c + Z.min (Z.shiftl 5 shift) min_min_interval.

Definition activity_time_last (s : TrackerState) : Z :=
  if negb (failed_counter (m_counters s) =? 0) then failed_time_last (m_counters s) else success_time_last (m_counters s).

Definition activity_time_next (s : TrackerState) : Z :=
  if negb (failed_counter (m_counters s) =? 0) then failed_time_next s else success_time_next s.

Definition activity_time_next_minimum (s : TrackerState) : Z :=
  if negb (failed_counter (m_counters s) =? 0) then failed_time_next s
  else if success_counter (m_counters s) =? 0 then 0
  else success_time_last (m_counters s) + Z.max (m_min_interval s) min_min_interval.
End TrackerState.

Module TrackerList.
Import SchedulerEntry TrackerState SocketAddress AddressList UriParser.

Inductive tracker_enum := TRACKER_NONE | TRACKER_HTTP | TRACKER_UDP | TRACKER_DHT.
#[export] Instance tracker_enum_eq_dec : EqDecision tracker_enum.
Proof. solve_decision. Defined.

(** The pointer to a worker, with [type()] and the constants of [TrackerInfo]. *)
Record tracker := Tracker { t_id : nat; t_type : tracker_enum; t_url : bytes; t_group : Z }.

Record TrackerParams := Params { p_numwant : Z; p_uploaded : Z; p_completed : Z; p_left : Z }.

(** Callbacks queued for the tracker thread. *)
Inductive request :=
  | send_event_request (id : nat) (params : TrackerParams) (event : event_enum)
  | send_scrape_request (id : nat) (params : TrackerParams).

(** Calls of the slots of the download. *)
Inductive download_call :=
  | download_success (l : list sockaddr)
  | download_failed (msg : bytes)
  | download_new_peers (l : list sockaddr).

(** The list, the states of the workers, the members of the controller, the
    queued requests and the calls made to the download. *)
Record world := World {
  w_trackers : list tracker;
  w_states : gmap nat TrackerState;
  w_next : nat;
  m_key : Z;
  m_numwant : Z;
  c_flags : Z;
  m_task_timeout : entry;
  m_task_scrape : entry;
  w_requests : list request;
  w_calls : list download_call }.

Definition set_trackers (l : list tracker) (w : world) : world :=
  World l (w_states w) (w_next w) (m_key w) (m_numwant w) (c_flags w) (m_task_timeout w) (m_task_scrape w) (w_requests w) (w_calls w).
Definition set_states (m : gmap nat TrackerState) (w : world) : world :=
  World (w_trackers w) m (w_next w) (m_key w) (m_numwant w) (c_flags w) (m_task_timeout w) (m_task_scrape w) (w_requests w) (w_calls w).
Definition set_numwant (n : Z) (w : world) : world :=
  World (w_trackers w) (w_states w) (w_next w) (m_key w) n (c_flags w) (m_task_timeout w) (m_task_scrape w) (w_requests w) (w_calls w).
Definition set_controller (flags : Z) (timeout scrape : entry) (w : world) : world :=
  World (w_trackers w) (w_states w) (w_next w) (m_key w) (m_numwant w) flags timeout scrape (w_requests w) (w_calls w).
Definition queue_request (r : request) (w : world) : world :=
  World (w_trackers w) (w_states w) (w_next w) (m_key w) (m_numwant w) (c_flags w) (m_task_timeout w) (m_task_scrape w) (w_requests w ++ [r]) (w_calls w).
Definition call_download (c : download_call) (w : world) : world :=
  World (w_trackers w) (w_states w) (w_next w) (m_key w) (m_numwant w) (c_flags w) (m_task_timeout w) (m_task_scrape w) (w_requests w) (w_calls w ++ [c]).

(** What the calls read of the outside: the clock in microseconds, the DHT, the
    counters of the download and the number of new peers it takes from a list. *)
Record environment := Env {
  env_now : Z;
  env_dht_valid : bool;
  env_dht_active : bool;
  env_uploaded : Z; env_completed : Z; env_left : Z;
  env_new_peers : list sockaddr -> Z }.

Definition cached_seconds (env : environment) : Z := env_now env ÷ 1000000.

(** The pointer keeps the worker alive, so its state exists. *)
Definition state (w : world) (t : tracker) : TrackerState := default (new_state 0) (w_states w !! t_id t).
Definition update_state (t : tracker) (f : TrackerState -> TrackerState) (w : world) : world :=
  set_states (<[t_id t := f (state w t)]> (w_states w)) w.

Section list.
Context (env : environment).

(** ** Predicates of a tracker *)

Definition is_dht (t : tracker) : bool := bool_decide (t_type t = TRACKER_DHT).
Definition busy (w : world) (t : tracker) : bool := is_requesting (state w t) || is_starting_request (state w t).
Definition is_scraping (w : world) (t : tracker) : bool := bool_decide (m_latest_event (state w t) = EVENT_SCRAPE).

Definition is_requesting_not_scrape (w : world) (t : tracker) : bool := if is_scraping w t then false else busy w t.
Definition is_requesting_not_dht (w : world) (t : tracker) : bool := if is_dht t then false else busy w t.
Definition is_requesting_not_dht_scrape (w : world) (t : tracker) : bool :=
  if is_dht t then false else if is_scraping w t then false else busy w t.
Definition is_requesting_not_dht_scrape_disownable (w : world) (t : tracker) : bool :=
  if is_dht t then false else if is_scraping w t then false else if is_disownable (state w t) then false else busy w t.
Definition is_usable (w : world) (t : tracker) : bool :=
  if is_dht t && negb (env_dht_active env) then false else is_enabled (state w t).
Definition can_request_state (w : world) (t : tracker) : bool :=
  if is_dht t && negb (env_dht_active env) then false
  else if negb (is_enabled (state w t)) then false
  else if is_requesting (state w t) then is_scraping w t
  else true.

(** ** The list *)

(** [begin_group]: the position of the first tracker of the group or a later one. *)
Definition begin_group (group : Z) (w : world) : nat := length (fst (find_split (fun t => group <=? t_group t) (w_trackers w))).
Definition end_group (group : Z) (w : world) : nat := begin_group (u32 (group + 1)) w.
Definition group_range (group : Z) (w : world) : list tracker :=
  take (end_group group w - begin_group group w) (drop (begin_group group w) (w_trackers w)).

Definition has_active (w : world) : bool := existsb (busy w) (w_trackers w).
Definition has_active_not_dht (w : world) : bool := existsb (is_requesting_not_dht w) (w_trackers w).
Definition has_active_not_dht_scrape_disownable (w : world) : bool :=
  existsb (is_requesting_not_dht_scrape_disownable w) (w_trackers w).
Definition has_active_not_scrape (w : world) : bool := existsb (is_requesting_not_scrape w) (w_trackers w).
Definition has_active_in_group (group : Z) (w : world) : bool := existsb (busy w) (group_range group w).
Definition has_active_not_scrape_in_group (group : Z) (w : world) : bool :=
  existsb (is_requesting_not_scrape w) (group_range group w).
Definition has_usable (w : world) : bool := existsb (is_usable w) (w_trackers w).

Definition list_clear_stats (w : world) : world :=
  foldl (fun w t => update_state t clear_stats w) w (w_trackers w).

Definition size_group (w : world) : Z := match last (w_trackers w) with Some t => u32 (t_group t + 1) | None => 0 end.

Definition find (t : tracker) (w : world) : option nat :=
  fst <$> list_find (fun t' => t_id t' = t_id t) (w_trackers w).
Definition find_url (url : bytes) (w : world) : option nat :=
  fst <$> list_find (fun t' => t_url t' = url) (w_trackers w).

Definition params (w : world) : TrackerParams := Params (m_numwant w) (env_uploaded env) (env_completed env) (env_left env).

(** A null pointer is [None]. *)
Definition send_event (ot : option tracker) (event : event_enum) (w : world) : res world :=
  match ot with
  | None => Throw internal_error
  | Some t =>
    _ ← throw_when (negb (bool_decide (is_Some (find t w)))) internal_error;
    if negb (is_usable w t) || bool_decide (event = EVENT_SCRAPE) then Ok w
    else if busy w t && (bool_decide (m_latest_event (state w t) = event)
                         || (negb (is_scraping w t) && bool_decide (event = EVENT_NONE))) then Ok w
    else Ok (queue_request (send_event_request (t_id t) (params w) event) w)
  end.

Definition send_scrape (ot : option tracker) (w : world) : res world :=
  match ot with
  | None => Throw internal_error
  | Some t =>
    _ ← throw_when (negb (bool_decide (is_Some (find t w)))) internal_error;
    if busy w t || negb (is_usable w t) then Ok w
    else if negb (is_scrapable (state w t)) then Ok w
    else if env_now env <? seconds (scrape_time_last (m_counters (state w t)) + 600) then Ok w
    else Ok (queue_request (send_scrape_request (t_id t) (params w)) w)
  end.

(** [insert], with the slot that is told of an enabled tracker. *)
Definition insert (slot_tracker_enabled : tracker -> world -> res world) (t : tracker) (w : world) : res world :=
  let pos := end_group (t_group t) w in
  slot_tracker_enabled t (set_trackers (take pos (w_trackers w) ++ t :: drop pos (w_trackers w)) w).

Definition url_type (url : bytes) : tracker_enum :=
  if str_eqb (take 7 url) (str "http://") || str_eqb (take 8 url) (str "https://") then TRACKER_HTTP
  else if str_eqb (take 6 url) (str "udp://") then TRACKER_UDP
  else if str_eqb (take 6 url) (str "dht://") && env_dht_valid env then TRACKER_DHT
  else TRACKER_NONE.

(** The worker is made by its constructor: the HTTP worker adds the flag for
    scraping, the UDP worker refuses a key of zero. *)
Definition insert_url (slot_tracker_enabled : tracker -> world -> res world) (group : Z) (url : bytes) (extra_tracker : bool) (w : world) : res world :=
  let flags := if extra_tracker then add_flag flag_extra_tracker flag_enabled else flag_enabled in
  match url_type url with
  | TRACKER_NONE => if extra_tracker then Throw input_error else Ok w
  | type =>
    _ ← throw_when (bool_decide (type = TRACKER_UDP) && (m_key w =? 0)) internal_error;
    let flags := if bool_decide (type = TRACKER_HTTP) && uri_can_scrape url then add_flag flag_scrapable flags else flags in
    let t := Tracker (w_next w) type url group in
    let w := World (w_trackers w) (<[w_next w := new_state flags]> (w_states w)) (S (w_next w)) (m_key w) (m_numwant w) (c_flags w)
               (m_task_timeout w) (m_task_scrape w) (w_requests w) (w_calls w) in
    insert slot_tracker_enabled t w
  end.

(** The loop of [find_next_to_request] over the trackers after [preferred]. *)
Fixpoint next_loop (w : world) (preferred : tracker) (l : list tracker) : tracker :=
  match l with
  | [] => preferred
  | t :: l =>
    if negb (can_request_state w t) then next_loop w preferred l
    else if negb (failed_counter (m_counters (state w t)) =? 0) then
      if failed_counter (m_counters (state w preferred)) =? 0 then next_loop w preferred l
      else if failed_time_next (state w t) <? activity_time_next (state w preferred) then next_loop w t l
      else next_loop w preferred l
    else if activity_time_next (state w t) <? activity_time_next (state w preferred) then next_loop w t l
    else next_loop w preferred l
  end.

(** From a position of the list; [None] is [end()]. *)
Definition find_next_to_request (itr : nat) (w : world) : option tracker :=
  match snd (find_split (can_request_state w) (drop itr (w_trackers w))) with
  | [] => None
  | t :: l => if failed_counter (m_counters (state w t)) =? 0 then Some t else Some (next_loop w t l)
  end.

(** [std::rotate(first, std::next(first), last)] *)
Definition cycle_group (group : Z) (w : world) : world :=
  let first := begin_group group w in
  match drop first (w_trackers w) with
  | [] => w
  | t :: l =>
    if negb (t_group t =? group) then w
    else
      let '(mine, rest) := find_split (fun t' => negb (t_group t' =? group)) l in
      set_trackers (take first (w_trackers w) ++ (mine ++ [t]) ++ rest) w
  end.

(** [promote]: swaps the tracker at a position with the first of its group. *)
Definition promote (itr : nat) (w : world) : res world :=
  t ← of_deref (w_trackers w !! itr);
  let first := begin_group (t_group t) w in
  f ← match w_trackers w !! first with Some f => Ok f | None => Throw internal_error end;
  Ok (set_trackers (<[itr := f]> (<[first := t]> (w_trackers w))) w).

(** [std::shuffle] of each group; [shuffle] is the permutation of the random
    generator.  Each turn is a group, so the number of trackers is enough fuel. *)
Fixpoint randomize_loop (shuffle : list tracker -> list tracker) (fuel : nat) (itr : nat) (w : world) : res world :=
  match w_trackers w !! itr with
  | None => Ok w
  | Some t =>
    match fuel with
    | O => UB
    | S fuel =>
      let tmp := end_group (t_group t) w in
      let l := w_trackers w in
      _ ← ub_when (tmp <? itr)%nat;
      randomize_loop shuffle fuel tmp
        (set_trackers (take itr l ++ shuffle (take (tmp - itr) (drop itr l)) ++ drop tmp l) w)
    end
  end.
Definition randomize_group_entries (shuffle : list tracker -> list tracker) (w : world) : res world :=
  randomize_loop shuffle (length (w_trackers w)) 0 w.

(** ** Replies *)

Context `{ByteOrder}.

Definition receive_success (slot_success : tracker -> list sockaddr -> world -> res (world * Z)) (t : tracker) (l : list sockaddr) (w : world) : res world :=
  match find t w with
  | None => Throw internal_error
  | Some itr =>
    w ← promote itr w;
    l ← sort_and_unique l;
    let w := update_state t (fun s => let s := add_success_request (cached_seconds env) s in
                                     set_peers (m_latest_new_peers s) (m_latest_new_peers_delta s) (zlen l) s) w in
    '(w, new_peers) ← slot_success t l w;
    Ok (update_state t (fun s => set_peers (u32 (new_peers + m_latest_new_peers_delta s)) 0 (m_latest_sum_peers s) s) w)
  end.

Definition receive_failed (slot_failed : tracker -> bytes -> world -> res world) (t : tracker) (msg : bytes) (w : world) : res world :=
  _ ← throw_when (negb (bool_decide (is_Some (find t w)))) internal_error;
  slot_failed t msg (update_state t (fun s => let s := add_failed_request (cached_seconds env) s in
                                              set_peers (m_latest_new_peers s) 0 (m_latest_sum_peers s) s) w).

Definition receive_scrape_success (slot_scrape_success : tracker -> world -> res world) (t : tracker) (w : world) : res world :=
  _ ← throw_when (negb (bool_decide (is_Some (find t w)))) internal_error;
  slot_scrape_success t (update_state t (add_scrape_request (cached_seconds env)) w).

(** The download binds no slot for a failed scrape. *)
Definition receive_scrape_failed (t : tracker) (w : world) : res world :=
  _ ← throw_when (negb (bool_decide (is_Some (find t w)))) internal_error; Ok w.

Definition receive_new_peers (slot_new_peers : list sockaddr -> world -> res (world * Z)) (l : list sockaddr) (w : world) : res world :=
  l ← sort_and_unique l;
  '(w, _) ← slot_new_peers l w;
  Ok w.

(** ** Enabling *)

(** The slots of the worker post an event to the main thread; here they are
    the event that is left to be delivered. *)
Definition enable (t : tracker) (w : world) : world * bool :=
  if is_enabled (state w t) then (w, false)
  else (update_state t (fun s => set_flags (add_flag flag_enabled (m_flags s)) s) w, true).
Definition disable (t : tracker) (w : world) : world * bool :=
  if negb (is_enabled (state w t)) then (w, false)
  else (update_state t (fun s => set_flags (remove_flag flag_enabled (m_flags s)) s) w, true).

(** [TrackerWorker::mark_starting_request] *)
Definition mark_starting_request (t : tracker) (w : world) : world :=
  if is_dht t then w else update_state t (fun s => set_flags (add_flag flag_starting_request (m_flags s)) s) w.
End list.

(** ** Flags *)

Lemma has_flag_bit n x : 0 <= n -> has_flag (2 ^ n) x = Z.testbit x n.
Proof. apply land_pow2. Qed.

Lemma has_flag_add n g x : 0 <= n -> has_flag (2 ^ n) (add_flag g x) = has_flag (2 ^ n) x || Z.testbit g n.
Proof. intros Hn. rewrite !has_flag_bit by done. apply Z.lor_spec. Qed.

Lemma has_flag_remove n g x : 0 <= n -> has_flag (2 ^ n) (remove_flag g x) = has_flag (2 ^ n) x && negb (Z.testbit g n).
Proof. intros Hn. rewrite !has_flag_bit by done. unfold remove_flag. by rewrite Z.land_spec, Z.lnot_spec. Qed.

(** ** The list keeps its groups in order *)

Definition by_group (a b : tracker) : Prop := t_group a <= t_group b.

Record list_ok (w : world) : Prop := {
  list_sorted : StronglySorted by_group (w_trackers w);
  list_nodup : NoDup (t_id <$> w_trackers w);
  list_known t : t ∈ w_trackers w -> (t_id t < w_next w)%nat /\ 0 <= t_group t < 2 ^ 32 - 1;
}.

Lemma by_group_trans : Transitive by_group.
Proof. intros a b c. unfold by_group. lia. Qed.

Lemma find_split_group g l : StronglySorted by_group l ->
  Forall (fun t => t_group t < g) (fst (find_split (fun t => g <=? t_group t) l)) /\
  Forall (fun t => g <= t_group t) (snd (find_split (fun t => g <=? t_group t) l)).
Proof.
  induction 1 as [|t l Hs [IH1 IH2] Ht]; [split; constructor|]. cbn. destruct (g <=? t_group t) eqn:E; bool_prop.
  - split; [constructor|]. constructor; [done|]. eapply Forall_impl; [exact Ht|]. intros u Hu. unfold by_group in Hu. lia.
  - destruct (find_split (fun t => g <=? t_group t) l) as [pre post]. cbn in *. split; [by constructor|done].
Qed.

Lemma begin_group_spec g w : list_ok w ->
  Forall (fun t => t_group t < g) (take (begin_group g w) (w_trackers w)) /\
  Forall (fun t => g <= t_group t) (drop (begin_group g w) (w_trackers w)).
Proof.
  intros Hw. destruct (find_split_group g (w_trackers w) (list_sorted w Hw)) as [H1 H2].
  pose proof (find_split_app (fun t => g <=? t_group t) (w_trackers w)) as E. unfold begin_group.
  rewrite <- E at 2. rewrite take_app_length. split; [done|]. rewrite <- E at 2. by rewrite drop_app_length.
Qed.

Lemma end_group_eq g w : 0 <= g < 2 ^ 32 - 1 -> end_group g w = begin_group (g + 1) w.
Proof. intros Hg. unfold end_group. by rewrite u32_small by lia. Qed.

Lemma begin_group_le g w : (begin_group g w <= length (w_trackers w))%nat.
Proof.
  unfold begin_group. pose proof (find_split_app (fun t => g <=? t_group t) (w_trackers w)) as E.
  rewrite <- E at 2. rewrite length_app. lia.
Qed.

(** A tracker lies within its group. *)
Lemma group_bounds w i t : list_ok w -> w_trackers w !! i = Some t -> (begin_group (t_group t) w <= i < end_group (t_group t) w)%nat.
Proof.
  intros Hw Hi. assert (Ht : t ∈ w_trackers w) by by eapply list_elem_of_lookup_2.
  destruct (list_known w Hw t Ht) as [_ Hg]. rewrite end_group_eq by done.
  destruct (begin_group_spec (t_group t) w Hw) as [H1 _]. destruct (begin_group_spec (t_group t + 1) w Hw) as [_ H2].
  rewrite Forall_lookup in H1, H2. split.
  - destruct (decide (i < begin_group (t_group t) w)%nat) as [Hlt|]; [|lia].
    specialize (H1 i t). rewrite lookup_take_lt in H1 by done. specialize (H1 Hi). lia.
  - destruct (decide (i < begin_group (t_group t + 1) w)%nat) as [|Hge]; [done|].
    specialize (H2 (i - begin_group (t_group t + 1) w)%nat t). rewrite lookup_drop in H2.
    replace (begin_group (t_group t + 1) w + (i - begin_group (t_group t + 1) w))%nat with i in H2 by lia.
    specialize (H2 Hi). lia.
Qed.

(** The range of a group is its trackers. *)
Lemma group_range_spec g w t : list_ok w -> 0 <= g < 2 ^ 32 - 1 -> t ∈ group_range g w <-> t ∈ w_trackers w /\ t_group t = g.
Proof.
  intros Hw Hg. unfold group_range. split.
  - intros (i & Hi)%list_elem_of_lookup. apply lookup_take_Some in Hi as [Hi Hlt]. rewrite lookup_drop in Hi.
    assert (Ht : t ∈ w_trackers w) by by eapply list_elem_of_lookup_2. split; [done|].
    destruct (begin_group_spec g w Hw) as [_ H2]. destruct (begin_group_spec (g + 1) w Hw) as [H1 _].
    rewrite Forall_lookup in H1, H2. specialize (H2 i t). rewrite lookup_drop in H2. specialize (H2 Hi).
    rewrite end_group_eq in Hlt by done. specialize (H1 (begin_group g w + i)%nat t).
    rewrite lookup_take_lt in H1 by lia. specialize (H1 Hi). lia.
  - intros [(i & Hi)%list_elem_of_lookup <-]. pose proof (group_bounds w i t Hw Hi) as Hb.
    apply list_elem_of_lookup. exists (i - begin_group (t_group t) w)%nat. rewrite lookup_take_lt by lia. rewrite lookup_drop.
    by replace (begin_group (t_group t) w + (i - begin_group (t_group t) w))%nat with i by lia.
Qed.

Lemma sorted_app l k : StronglySorted by_group l -> StronglySorted by_group k ->
  (forall a b, a ∈ l -> b ∈ k -> by_group a b) -> StronglySorted by_group (l ++ k).
Proof. intros Hl Hk Hlk. apply StronglySorted_app. split_and!; [intros; by apply Hlk|done|done]. Qed.

Lemma sorted_take_drop n l : StronglySorted by_group l ->
  StronglySorted by_group (take n l) /\ StronglySorted by_group (drop n l) /\
  (forall a b, a ∈ take n l -> b ∈ drop n l -> by_group a b).
Proof.
  intros Hl. rewrite <- (take_drop n l) in Hl. apply StronglySorted_app in Hl as (H1 & H2 & H3).
  split_and!; [done|done|]. intros a b Ha Hb. by apply H1.
Qed.

(** A list of trackers that is a rearrangement, and in the order of groups. *)
Lemma rearranged_ok w l : list_ok w -> l ≡ₚ w_trackers w -> StronglySorted by_group l -> list_ok (set_trackers l w).
Proof.
  intros Hw Hp Hs. constructor; cbn [set_trackers w_trackers w_next]; [done|by rewrite Hp; apply (list_nodup w Hw)|].
  intros t Ht. rewrite Hp in Ht. by apply (list_known w Hw).
Qed.

Lemma by_group_same g l : Forall (fun t => t_group t = g) l -> StronglySorted by_group l.
Proof.
  induction 1 as [|t l Ht Hl IH]; constructor; [done|]. eapply Forall_impl; [exact Hl|]. intros u Hu. unfold by_group. cbn beta in *. lia.
Qed.

(** Inserting puts a tracker behind the others of its group. *)
Lemma inserted_ok w t : list_ok w -> 0 <= t_group t < 2 ^ 32 - 1 -> (t_id t < w_next w)%nat -> (t_id t ∉ t_id <$> w_trackers w) ->
  let pos := end_group (t_group t) w in
  let l := take pos (w_trackers w) ++ t :: drop pos (w_trackers w) in
  list_ok (set_trackers l w) /\ l ≡ₚ t :: w_trackers w /\
  Forall (fun u => t_group u <= t_group t) (take pos (w_trackers w)) /\
  Forall (fun u => t_group t < t_group u) (drop pos (w_trackers w)).
Proof.
  intros Hw Hg Hid Hnew pos l. unfold pos in *. destruct (begin_group_spec (t_group t + 1) w Hw) as [H1 H2].
  rewrite <- end_group_eq in H1, H2 by done. fold pos in H1, H2.
  assert (Hp : l ≡ₚ t :: w_trackers w).
  { unfold l. rewrite <- (take_drop pos (w_trackers w)) at 3. symmetry. apply Permutation_middle. }
  assert (H1' : Forall (fun u => t_group u <= t_group t) (take pos (w_trackers w))).
  { eapply Forall_impl; [exact H1|]. intros u Hu. cbn beta in Hu. lia. }
  assert (H2' : Forall (fun u => t_group t < t_group u) (drop pos (w_trackers w))).
  { eapply Forall_impl; [exact H2|]. intros u Hu. cbn beta in Hu. lia. }
  destruct (sorted_take_drop pos (w_trackers w) (list_sorted w Hw)) as (S1 & S2 & S3).
  split_and!; [|done|done|done]. constructor; cbn [set_trackers w_trackers w_next].
  - apply sorted_app; [done| |].
    + constructor; [done|]. eapply Forall_impl; [exact H2'|]. intros u Hu. unfold by_group. cbn beta in Hu. lia.
    + intros a b Ha [->|Hb]%elem_of_cons; [|by apply S3]. rewrite Forall_forall in H1'. exact (H1' a Ha).
  - rewrite Hp. cbn. apply NoDup_cons. split; [done|apply (list_nodup w Hw)].
  - intros u Hu. rewrite Hp in Hu. apply elem_of_cons in Hu as [->|Hu]; [done|by apply (list_known w Hw)].
Qed.

Lemma sorted_swap_group w i j t f : list_ok w -> w_trackers w !! i = Some t -> w_trackers w !! j = Some f -> t_group t = t_group f ->
  StronglySorted by_group (<[i := f]> (<[j := t]> (w_trackers w))).
Proof.
  intros Hw Hi Hj Hg. pose proof (list_sorted w Hw) as Hs.
  assert (Hgroups : t_group <$> <[i := f]> (<[j := t]> (w_trackers w)) = t_group <$> w_trackers w).
  { rewrite !list_fmap_insert, Hg. rewrite (list_insert_id (t_group <$> w_trackers w) j) by (by rewrite list_lookup_fmap, Hj).
    apply list_insert_id. by rewrite list_lookup_fmap, Hi, <- Hg. }
  assert (Hfm : forall l, StronglySorted by_group l <-> StronglySorted Z.le (t_group <$> l)).
  { induction l as [|a l IH]; [split; constructor|]. cbn. rewrite !StronglySorted_cons, Forall_fmap, IH. done. }
  rewrite Hfm, Hgroups. by apply Hfm.
Qed.

(** A tracker that answered becomes the first of its group; the list stays a
    rearrangement in the order of groups. *)
Lemma promote_ok w i t : list_ok w -> w_trackers w !! i = Some t ->
  exists l, promote i w = Ok (set_trackers l w) /\ list_ok (set_trackers l w) /\ l ≡ₚ w_trackers w /\
    l !! begin_group (t_group t) w = Some t.
Proof.
  intros Hw Hi. unfold promote. rewrite Hi. cbn [of_deref mbind res_bind].
  pose proof (group_bounds w i t Hw Hi) as Hb. pose proof (lookup_lt_Some _ _ _ Hi) as Hlt.
  destruct (w_trackers w !! begin_group (t_group t) w) as [f|] eqn:Hf; [|apply lookup_ge_None in Hf; lia].
  cbn [mbind res_bind]. eexists. split; [reflexivity|].
  assert (Hfg : t_group t = t_group f).
  { destruct (begin_group_spec (t_group t) w Hw) as [_ H2]. rewrite Forall_lookup in H2. specialize (H2 0%nat f).
    rewrite lookup_drop, Nat.add_0_r in H2. specialize (H2 Hf). destruct (decide (begin_group (t_group t) w = i)) as [E|Hne]; [congruence|].
    pose proof (list_sorted w Hw) as Hs. rewrite <- (take_drop (S (begin_group (t_group t) w)) (w_trackers w)) in Hs.
    apply StronglySorted_app in Hs as (H1 & _ & _). assert (by_group f t); [|unfold by_group in *; lia]. apply H1.
    - apply list_elem_of_lookup. exists (begin_group (t_group t) w). by rewrite lookup_take_lt by lia.
    - apply list_elem_of_lookup. exists (i - S (begin_group (t_group t) w))%nat. rewrite lookup_drop.
      replace (S (begin_group (t_group t) w) + (i - S (begin_group (t_group t) w)))%nat with i by lia. done. }
  assert (Hperm : <[i := f]> (<[begin_group (t_group t) w := t]> (w_trackers w)) ≡ₚ w_trackers w).
  { destruct (decide (begin_group (t_group t) w = i)) as [E|Hne].
    - rewrite E in *. assert (t = f) as <- by congruence. rewrite (list_insert_id (w_trackers w)) by done. by rewrite list_insert_id.
    - symmetry. apply Permutation_inj. split; [by rewrite !length_insert|].
      exists (fun k => if decide (k = i) then begin_group (t_group t) w else if decide (k = begin_group (t_group t) w) then i else k).
      split; [intros a b; repeat case_decide; lia|]. intros k. repeat case_decide; subst.
      + rewrite list_lookup_insert_ne by done. rewrite list_lookup_insert_eq by lia. done.
      + rewrite list_lookup_insert_eq by (rewrite length_insert; lia). done.
      + rewrite !list_lookup_insert_ne by done. done. }
  split_and!; [|done|].
  - apply rearranged_ok; [done|done|by apply sorted_swap_group].
  - destruct (decide (begin_group (t_group t) w = i)) as [E|Hne].
    + rewrite E in *. rewrite list_lookup_insert_eq by (rewrite length_insert; lia). congruence.
    + rewrite list_lookup_insert_ne by done. apply list_lookup_insert_eq. lia.
Qed.

(** Cycling a group moves its first tracker to its end. *)
Lemma cycle_group_ok g w : list_ok w -> 0 <= g < 2 ^ 32 - 1 ->
  exists l, cycle_group g w = set_trackers l w /\ list_ok (set_trackers l w) /\ l ≡ₚ w_trackers w.
Proof.
  intros Hw Hg. unfold cycle_group. destruct (begin_group_spec g w Hw) as [H1 H2].
  assert (Hid : exists l, w = set_trackers l w /\ list_ok (set_trackers l w) /\ l ≡ₚ w_trackers w).
  { exists (w_trackers w). destruct w. split_and!; [done|done|done]. }
  destruct (drop (begin_group g w) (w_trackers w)) as [|t l] eqn:Ed; [done|].
  destruct (t_group t =? g) eqn:Et; cbn [negb]; [|done]. bool_prop.
  pose proof (find_split_app (fun t' => negb (t_group t' =? g)) l) as Ef.
  pose proof (find_split_pre (fun t' => negb (t_group t' =? g)) l) as Hpre.
  destruct (find_split (fun t' => negb (t_group t' =? g)) l) as [mine rest]. cbn [fst snd] in *.
  set (f := begin_group g w) in *.
  assert (Hmine : Forall (fun u => t_group u = g) (mine ++ [t])).
  { apply Forall_app. split; [|by constructor; [|constructor]]. eapply Forall_impl; [exact Hpre|]. intros u Hu. cbn beta in Hu. by bool_prop. }
  assert (Hl : w_trackers w = take f (w_trackers w) ++ t :: mine ++ rest) by (rewrite Ef, <- Ed; symmetry; apply take_drop).
  exists (take f (w_trackers w) ++ (mine ++ [t]) ++ rest). split; [done|].
  assert (Hp : take f (w_trackers w) ++ (mine ++ [t]) ++ rest ≡ₚ w_trackers w).
  { rewrite Hl at 2. apply Permutation_app_head. rewrite <- app_assoc. cbn. symmetry. apply Permutation_middle. }
  split; [|done]. apply rearranged_ok; [done|done|].
  pose proof (list_sorted w Hw) as Hs. destruct (sorted_take_drop f (w_trackers w) Hs) as (S1 & S2 & S3). rewrite Ed in S2, S3.
  apply StronglySorted_cons in S2 as [Ht S2]. rewrite <- Ef in S2. apply StronglySorted_app in S2 as (_ & _ & S2). subst l.
  apply sorted_app; [done|apply sorted_app; [by apply (by_group_same g)|done|]|].
  - intros a b Ha Hb. rewrite Forall_forall in Hmine. apply Hmine in Ha. rewrite Forall_forall in Ht. specialize (Ht b).
    assert (Hb' : b ∈ mine ++ rest) by (apply elem_of_app; by right). specialize (Ht Hb'). unfold by_group in *. lia.
  - intros a b Ha Hb. assert (Hb' : b ∈ t :: mine ++ rest).
    { rewrite !elem_of_app in Hb. rewrite elem_of_cons, elem_of_app. rewrite list_elem_of_singleton in Hb. tauto. }
    by apply S3.
Qed.

Lemma sorted_lookup w i j a b : list_ok w -> (i <= j)%nat -> w_trackers w !! i = Some a -> w_trackers w !! j = Some b -> t_group a <= t_group b.
Proof.
  intros Hw Hij Ha Hb. destruct (decide (i = j)) as [->|Hne]; [assert (a = b) by congruence; by subst|].
  destruct (sorted_take_drop (S i) (w_trackers w) (list_sorted w Hw)) as (_ & _ & H3). apply H3.
  - apply list_elem_of_lookup. exists i. by rewrite lookup_take_lt by lia.
  - apply list_elem_of_lookup. exists (j - S i)%nat. rewrite lookup_drop. by replace (S i + (j - S i))%nat with j by lia.
Qed.

Lemma randomize_loop_ok shuffle fuel itr w : (forall l, shuffle l ≡ₚ l) -> list_ok w -> (length (w_trackers w) <= fuel + itr)%nat ->
  exists l, randomize_loop shuffle fuel itr w = Ok (set_trackers l w) /\ list_ok (set_trackers l w) /\ l ≡ₚ w_trackers w.
Proof.
  intros Hsh. revert itr w. induction fuel as [|fuel IH]; intros itr w Hw Hlen; cbn [randomize_loop];
    destruct (w_trackers w !! itr) as [t|] eqn:Ht.
  - apply lookup_lt_Some in Ht. lia.
  - exists (w_trackers w). destruct w. done.
  - pose proof (group_bounds w itr t Hw Ht) as Hb. set (tmp := end_group (t_group t) w) in *.
    assert (Hg : t ∈ w_trackers w) by by eapply list_elem_of_lookup_2. destruct (list_known w Hw t Hg) as [_ Hgr].
    rewrite (proj2 (Nat.ltb_ge tmp itr)) by lia. cbn [ub_when mbind res_bind].
    set (mid := take (tmp - itr) (drop itr (w_trackers w))).
    set (l := take itr (w_trackers w) ++ shuffle mid ++ drop tmp (w_trackers w)).
    assert (Hl : w_trackers w = take itr (w_trackers w) ++ mid ++ drop tmp (w_trackers w)).
    { unfold mid. rewrite <- (take_drop itr (w_trackers w)) at 1. f_equal.
      rewrite <- (take_drop (tmp - itr) (drop itr (w_trackers w))) at 1. f_equal. rewrite drop_drop. f_equal. lia. }
    assert (Hp : l ≡ₚ w_trackers w) by (unfold l; rewrite Hl at 3; by rewrite Hsh).
    assert (Hmid : Forall (fun u => t_group u = t_group t) (shuffle mid)).
    { rewrite Hsh. apply Forall_lookup. intros k u Hu. unfold mid in Hu. apply lookup_take_Some in Hu as [Hu Hk]. rewrite lookup_drop in Hu.
      pose proof (sorted_lookup w itr (itr + k) t u Hw ltac:(lia) Ht Hu).
      pose proof (begin_group_spec (t_group t + 1) w Hw) as [H1 _]. rewrite <- end_group_eq in H1 by done. fold tmp in H1.
      rewrite Forall_lookup in H1. specialize (H1 (itr + k)%nat u). rewrite lookup_take_lt in H1 by lia. specialize (H1 Hu). lia. }
    assert (Hok : list_ok (set_trackers l w)).
    { apply rearranged_ok; [done|done|]. pose proof (list_sorted w Hw) as Hs. rewrite Hl in Hs.
      apply StronglySorted_app in Hs as (S1 & S2 & S3). apply StronglySorted_app in S3 as (S3 & _ & S4).
      assert (Hin : forall u, u ∈ shuffle mid <-> u ∈ mid) by (intros u; by rewrite Hsh).
      apply sorted_app; [done|apply sorted_app; [by apply (by_group_same (t_group t))|done|]|].
      - intros a b Ha Hb'. apply S3; [by apply Hin|done].
      - intros a b Ha [Hb'|Hb']%elem_of_app; apply S1; [done| |done|]; apply elem_of_app; [left; by apply Hin|by right]. }
    destruct (IH tmp (set_trackers l w) Hok) as (l' & E & Hok' & Hp').
    { cbn [set_trackers w_trackers]. rewrite Hp. lia. }
    exists l'. split_and!; [exact E|exact Hok'|]. cbn in Hp'. by rewrite Hp', Hp.
  - exists (w_trackers w). destruct w. done.
Qed.

(** Shuffling the groups always ends, and keeps the trackers of each group
    together. *)
Theorem randomize_keeps_groups shuffle w : (forall l, shuffle l ≡ₚ l) -> list_ok w ->
  exists l, randomize_group_entries shuffle w = Ok (set_trackers l w) /\ list_ok (set_trackers l w) /\ l ≡ₚ w_trackers w.
Proof. intros Hs Hw. apply randomize_loop_ok; [done|done|lia]. Qed.

(** ** The next tracker to ask *)

Lemma next_loop_spec env w p l : can_request_state env w p = true ->
  let r := next_loop env w p l in
  (r = p \/ r ∈ l) /\ can_request_state env w r = true /\
  activity_time_next (state w r) <= activity_time_next (state w p) /\
  (forall t, t ∈ l -> can_request_state env w t = true ->
    failed_counter (m_counters (state w t)) = 0 \/ failed_counter (m_counters (state w r)) <> 0 ->
    activity_time_next (state w r) <= activity_time_next (state w t)).
Proof.
  revert p. induction l as [|t l IH]; intros p Hp; cbn [next_loop].
  - split_and!; [by left|done|lia|]. intros t Ht. by apply elem_of_nil in Ht.
  - assert (Hskip : forall q, can_request_state env w q = true ->
      (q = p \/ q = t) -> activity_time_next (state w q) <= activity_time_next (state w p) ->
      (can_request_state env w t = true -> failed_counter (m_counters (state w t)) = 0 \/ failed_counter (m_counters (state w (next_loop env w q l))) <> 0 ->
        activity_time_next (state w (next_loop env w q l)) <= activity_time_next (state w t)) ->
      let r := next_loop env w q l in
      (r = p \/ r ∈ t :: l) /\ can_request_state env w r = true /\
      activity_time_next (state w r) <= activity_time_next (state w p) /\
      (forall u, u ∈ t :: l -> can_request_state env w u = true ->
        failed_counter (m_counters (state w u)) = 0 \/ failed_counter (m_counters (state w r)) <> 0 ->
        activity_time_next (state w r) <= activity_time_next (state w u))).
    { intros q Hq Hpt Hle Ht r. destruct (IH q Hq) as (I1 & I2 & I3 & I4). fold r in I1, I2, I3, I4.
      split_and!; [|done|lia|].
      - destruct I1 as [->|I1]; [|right; by right]. destruct Hpt as [->| ->]; [by left|right; left].
      - intros u [->|Hu]%elem_of_cons; [exact Ht|]. by apply I4. }
    destruct (can_request_state env w t) eqn:Ec; cbn [negb].
    2: { apply Hskip; [done|by left|lia|done]. }
    pose proof (IH p Hp) as (_ & _ & I3p & _). pose proof (IH t Ec) as (_ & _ & I3t & _).
    destruct (failed_counter (m_counters (state w t)) =? 0) eqn:Ef; cbn [negb]; bool_prop.
    + destruct (activity_time_next (state w t) <? activity_time_next (state w p)) eqn:El; bool_prop;
        apply Hskip; [done|by right|lia|intros; lia|done|by left|lia|intros; lia].
    + assert (Hact : activity_time_next (state w t) = failed_time_next (state w t)).
      { unfold activity_time_next. by rewrite (proj2 (Z.eqb_neq _ _)). }
      destruct (failed_counter (m_counters (state w p)) =? 0) eqn:Ep; bool_prop.
      * apply Hskip; [done|by left|lia|]. intros _ [?|Hr]; [done|]. exfalso. apply Hr. clear -Ep.
        revert p Ep. induction l as [|t l IH]; intros p Ep; cbn [next_loop]; [done|].
        destruct (can_request_state env w t); cbn [negb]; [|by apply IH].
        destruct (failed_counter (m_counters (state w t)) =? 0) eqn:Ef; cbn [negb]; bool_prop.
        -- destruct (_ <? _); by apply IH.
        -- rewrite Ep. cbn. by apply IH.
      * rewrite <- Hact. destruct (activity_time_next (state w t) <? activity_time_next (state w p)) eqn:El; bool_prop;
          apply Hskip; [done|by right|lia|intros; lia|done|by left|lia|intros; lia].
Qed.

Lemma next_to_request_in env w t : find_next_to_request env 0 w = Some t -> t ∈ w_trackers w /\ can_request_state env w t = true.
Proof.
  unfold find_next_to_request. rewrite drop_0. intros E.
  pose proof (find_split_app (can_request_state env w) (w_trackers w)) as Ea.
  pose proof (find_split_post (can_request_state env w) (w_trackers w)) as Hpost.
  destruct (find_split (can_request_state env w) (w_trackers w)) as [pre [|f l]]; cbn [fst snd] in *; [done|].
  specialize (Hpost f l eq_refl). rewrite <- Ea. rewrite elem_of_app, elem_of_cons.
  destruct (_ =? 0); injection E as <-; [tauto|]. destruct (next_loop_spec env w f l Hpost) as (? & ? & _). tauto.
Qed.

(** The next tracker to ask can be asked; there is none only if no tracker can.
    It is the first that can if that has not failed; otherwise no tracker that
    did not fail is due earlier, and no tracker at all if it failed itself. *)
Theorem next_to_request_earliest env w :
  match find_next_to_request env 0 w with
  | None => Forall (fun t => can_request_state env w t = false) (w_trackers w)
  | Some r => r ∈ w_trackers w /\ can_request_state env w r = true /\
      exists pre first post, w_trackers w = pre ++ first :: post /\ Forall (fun t => can_request_state env w t = false) pre /\
        can_request_state env w first = true /\
        if failed_counter (m_counters (state w first)) =? 0 then r = first
        else forall t, t ∈ w_trackers w -> can_request_state env w t = true ->
          failed_counter (m_counters (state w t)) = 0 \/ failed_counter (m_counters (state w r)) <> 0 ->
          activity_time_next (state w r) <= activity_time_next (state w t)
  end.
Proof.
  unfold find_next_to_request. rewrite drop_0.
  pose proof (find_split_app (can_request_state env w) (w_trackers w)) as Ea.
  pose proof (find_split_pre (can_request_state env w) (w_trackers w)) as Hpre.
  pose proof (find_split_post (can_request_state env w) (w_trackers w)) as Hpost.
  destruct (find_split (can_request_state env w) (w_trackers w)) as [pre post]. cbn [fst snd] in *.
  destruct post as [|t l]; [rewrite app_nil_r in Ea; by subst|]. specialize (Hpost t l eq_refl).
  destruct (failed_counter (m_counters (state w t)) =? 0) eqn:Ef.
  - split_and!; [rewrite <- Ea; apply elem_of_app; right; left|done|]. exists pre, t, l. by rewrite Ef.
  - destruct (next_loop_spec env w t l Hpost) as (I1 & I2 & I3 & I4).
    split_and!; [rewrite <- Ea; apply elem_of_app; right; apply elem_of_cons; tauto|done|].
    exists pre, t, l. split_and!; [done..|]. rewrite Ef. intros u Hu Hc Hf. rewrite <- Ea in Hu.
    apply elem_of_app in Hu as [Hu|[->|Hu]%elem_of_cons]; [|lia|by apply I4].
    rewrite Forall_forall in Hpre. specialize (Hpre u Hu). cbn beta in Hpre. congruence.
Qed.

(** A tracker that fails is asked again after five seconds, and the delay
    doubles with every failure up to five minutes, unless the tracker asked for
    a longer minimum. *)
Theorem failed_backoff s : let n := failed_counter (m_counters s) in
  0 < n < 2 ^ 32 -> m_min_interval s <= max_min_interval ->
  failed_time_next s = failed_time_last (m_counters s) +
    (if min_min_interval <? m_min_interval s then m_min_interval s else Z.min (5 * 2 ^ (n - 1)) 300) /\
  failed_time_last (m_counters s) + 5 <= failed_time_next s <= failed_time_last (m_counters s) + max_min_interval.
Proof.
  intros n Hn Hm. unfold failed_time_next. fold n. rewrite (proj2 (Z.eqb_neq n 0)) by lia.
  destruct (min_min_interval <? m_min_interval s) eqn:E; bool_prop; [unfold min_min_interval in *; lia|].
  rewrite u32_small by lia. rewrite Z.shiftl_mul_pow2 by lia. unfold min_min_interval, max_min_interval in *.
  destruct (Z.le_gt_cases (n - 1) 6) as [Hle|Hgt].
  - rewrite (Z.min_l (n - 1)) by lia. assert (1 <= 2 ^ (n - 1)) by (pose proof (Z.pow_pos_nonneg 2 (n - 1)); lia). lia.
  - rewrite (Z.min_r (n - 1)) by lia. assert (2 ^ 6 <= 2 ^ (n - 1)) by (apply Z.pow_le_mono_r; lia). lia.
Qed.

Lemma failed_backoff_witness :
  let s := set_counters (Counters 0 0 1000 4 0 0) (new_state 1) in failed_time_next s = 1040.
Proof.
  destruct (failed_backoff (set_counters (Counters 0 0 1000 4 0 0) (new_state 1))) as [E _]; [cbn; lia|vm_compute; discriminate|].
  exact E.
Defined.
End TrackerList.
