(* ===== verification/TrackerController.v ===== *)
(** * The tracker controller (src/tracker/tracker_controller.cc,
      src/torrent/tracker/manager.cc)

    The controller decides when which tracker of a torrent is asked.  Module
    [TrackerController] has its operations on the list and its timers, bound
    to the list the way src/download/download_main.cc binds them, and the
    system of the controller, the queued requests and the replies of the
    workers as steps.  The theorems show that the controller of a running
    torrent with a usable tracker never falls silent: it has a timer or a
    request on the way. *)

From S2P Require Import Prelude Scheduler Object Bencode ProtocolBase SocketAddress Utils Tracker.
Import SchedulerEntry TrackerState SocketAddress AddressList TrackerList.

Module TrackerController.

Definition flag_send_update : Z := 1.
Definition flag_send_completed : Z := 2.
Definition flag_send_start : Z := 4.
Definition flag_send_stop : Z := 8.
Definition flag_active : Z := 16.
Definition flag_requesting : Z := 32.
Definition flag_failure_mode : Z := 64.
Definition flag_promiscuous_mode : Z := 128.
Definition mask_send : Z := Z.lor (Z.lor (Z.lor flag_send_update flag_send_start) flag_send_stop) flag_send_completed.
Definition enable_dont_reset_stats : Z := 1.

(** [~uint32_t()] *)
Definition no_timeout : Z := 2 ^ 32 - 1.

Definition set_c_flags (f : Z) (w : world) : world := set_controller f (m_task_timeout w) (m_task_scrape w) w.
Definition set_timeout (e : entry) (w : world) : world := set_controller (c_flags w) e (m_task_scrape w) w.
Definition set_scrape_timer (e : entry) (w : world) : world := set_controller (c_flags w) (m_task_timeout w) e w.

Definition is_active (w : world) : bool := has_flag flag_active (c_flags w).
Definition is_requesting (w : world) : bool := has_flag flag_requesting (c_flags w).
Definition is_failure_mode (w : world) : bool := has_flag flag_failure_mode (c_flags w).
Definition is_promiscuous_mode (w : world) : bool := has_flag flag_promiscuous_mode (c_flags w).

Section controller.
Context (env : environment).

Definition update_timeout (seconds_to_next : Z) (w : world) : res world :=
  _ ← throw_when (negb (is_active w)) internal_error;
  e ← (if seconds_to_next =? 0 then update_wait_for (env_now env) (m_task_timeout w) 0
       else update_wait_for_ceil_seconds (env_now env) (m_task_timeout w) (seconds seconds_to_next));
  Ok (set_timeout e w).

Definition update_timeout_next_to_request (w : world) : res world :=
  match find_next_to_request env 0 w with
  | None => Ok w
  | Some t =>
    let next_timeout := activity_time_next (state w t) in
    if next_timeout <=? cached_seconds env then update_timeout 0 w
    else update_timeout (u32 (next_timeout - cached_seconds env)) w
  end.

Definition current_send_event (w : world) : event_enum :=
  let f := Z.land (c_flags w) mask_send in
  if f =? flag_send_start then EVENT_STARTED
  else if f =? flag_send_stop then EVENT_STOPPED
  else if f =? flag_send_completed then EVENT_COMPLETED
  else EVENT_NONE.

Definition is_timeout_queued (w : world) : bool := is_scheduled (m_task_timeout w).
Definition is_scrape_queued (w : world) : bool := is_scheduled (m_task_scrape w).
Definition next_timeout (w : world) : Z := time_or_zero (m_task_timeout w).
Definition next_scrape (w : world) : Z := time_or_zero (m_task_scrape w).
Definition seconds_to_next_timeout (w : world) : Z :=
  u32 (ceil_cast_seconds (Z.max (time_or_zero (m_task_timeout w) - env_now env) 0)).
Definition seconds_to_next_scrape (w : world) : Z :=
  u32 (ceil_cast_seconds (Z.max (time_or_zero (m_task_scrape w) - env_now env) 0)).

Definition close (w : world) : world :=
  set_timeout (SchedulerEntry.erase (m_task_timeout w))
    (set_c_flags (remove_flag (Z.lor flag_requesting flag_promiscuous_mode) (c_flags w)) w).

(** The loop of [send_start_event]. *)
Fixpoint start_loop (l : list tracker) (found_usable : bool) (w : world) : res world :=
  match l with
  | [] => Ok w
  | t :: l =>
    if negb (is_usable env w t) then start_loop l found_usable w
    else if found_usable then update_timeout 3 (set_c_flags (add_flag flag_promiscuous_mode (c_flags w)) w)
    else w ← send_event env (Some t) EVENT_STARTED w; start_loop l true w
  end.

Definition send_start_event (w : world) : res world :=
  let w := set_c_flags (add_flag flag_send_start (remove_flag mask_send (c_flags w))) w in
  if negb (is_active w) || negb (has_usable env w) then Ok w
  else start_loop (w_trackers w) false (close w).

(** The loop of [send_stop_event] and [send_completed_event]. *)
Fixpoint send_in_use (event : event_enum) (l : list tracker) (w : world) : res world :=
  match l with
  | [] => Ok w
  | t :: l =>
    if negb (is_in_use (state w t)) then send_in_use event l w
    else w ← send_event env (Some t) event w; send_in_use event l w
  end.

Definition send_stop_event (w : world) : res world :=
  let w := set_c_flags (remove_flag mask_send (c_flags w)) w in
  if negb (is_active w) || negb (has_usable env w) then Ok w
  else
    let w := close (set_c_flags (add_flag flag_send_stop (c_flags w)) w) in
    send_in_use EVENT_STOPPED (w_trackers w) w.

Definition send_completed_event (w : world) : res world :=
  let w := set_c_flags (add_flag flag_send_completed (remove_flag mask_send (c_flags w))) w in
  if negb (is_active w) || negb (has_usable env w) then Ok w
  else
    let w := close w in
    send_in_use EVENT_COMPLETED (w_trackers w) w.

Definition send_update_event (w : world) : res world :=
  if negb (is_active w) || negb (has_usable env w) then Ok w
  else if has_flag mask_send (c_flags w) && has_active w then Ok w
  else
    let w := if has_flag mask_send (c_flags w) then w else set_c_flags (add_flag flag_send_update (c_flags w)) w in
    match snd (find_split (is_usable env w) (w_trackers w)) with
    | [] => Ok w
    | t :: _ => send_event env (Some t) EVENT_NONE w
    end.

Definition manual_request (request_now : bool) (w : world) : res world :=
  if negb (is_scheduled (m_task_timeout w)) then Ok w else send_update_event w.

Definition scrape_request (seconds_to_request : Z) (w : world) : res world :=
  e ← (if seconds_to_request =? 0 then update_wait_for (env_now env) (m_task_scrape w) 0
       else update_wait_for_ceil_seconds (env_now env) (m_task_scrape w) (seconds seconds_to_request));
  Ok (set_scrape_timer e w).

Definition enable (enable_flags : Z) (w : world) : res world :=
  if is_active w then Ok w
  else
    let w := set_c_flags (remove_flag flag_send_stop (add_flag flag_active (c_flags w))) w in
    let w := if has_flag enable_dont_reset_stats enable_flags then w else list_clear_stats w in
    update_timeout 0 w.

Definition disable (w : world) : world :=
  if negb (is_active w) then w
  else
    set_timeout (SchedulerEntry.erase (m_task_timeout w))
      (set_c_flags (remove_flag (Z.lor (Z.lor flag_active flag_requesting) flag_promiscuous_mode) (c_flags w)) w).

Definition start_requesting (w : world) : res world :=
  if is_requesting w then Ok w
  else
    let w := set_c_flags (add_flag flag_requesting (c_flags w)) w in
    if is_active w then update_timeout 0 w else Ok w.

Definition stop_requesting (w : world) : world :=
  if negb (is_requesting w) then w else set_c_flags (remove_flag flag_requesting (c_flags w)) w.

(** ** When to ask a tracker *)

Definition next_timeout_seconds (next_timeout current : Z) : Z :=
  if next_timeout <=? current then 0 else next_timeout - current.

Definition tracker_next_timeout_update (w : world) (t : tracker) : Z :=
  if is_requesting_not_scrape w t || negb (is_usable env w t) then no_timeout
  else u32 (next_timeout_seconds (activity_time_next_minimum (state w t)) (cached_seconds env)).

Definition tracker_next_timeout_promiscuous (w : world) (t : tracker) : res Z :=
  let s := state w t in
  if is_requesting_not_scrape w t || negb (is_usable env w t) then Ok no_timeout
  else
    interval ← (if negb (failed_counter (m_counters s) =? 0) then
                  _ ← throw_when (failed_time_last (m_counters s) =? 0) internal_error;
                  Ok (failed_time_next s - failed_time_last (m_counters s))
                else Ok (m_normal_interval s));
    let min_interval := Z.max (m_min_interval s) 300 in
    let use_interval := Z.min interval min_interval in
    let since_last := cached_seconds env - activity_time_last s in
    Ok (u32 (Z.max (use_interval - since_last) 0)).

Definition tracker_next_timeout (w : world) (t : tracker) (controller_flags : Z) : res Z :=
  if has_flag flag_requesting controller_flags then tracker_next_timeout_promiscuous w t
  else if is_requesting_not_scrape w t || negb (is_usable env w t) then Ok no_timeout
  else if has_flag flag_promiscuous_mode controller_flags then
    Ok (u32 (next_timeout_seconds (activity_time_next_minimum (state w t)) (cached_seconds env)))
  else if has_flag flag_send_update controller_flags then Ok (tracker_next_timeout_update w t)
  else Ok (u32 (next_timeout_seconds (activity_time_next (state w t)) (cached_seconds env))).

(** The loop of [tracker_find_preferred]; the result is the preferred tracker
    and the lowest timeout. *)
Fixpoint tracker_find_preferred (w : world) (l : list tracker) (preferred : option tracker) (preferred_time_last next_timeout : Z)
    : res (option tracker * Z) :=
  match l with
  | [] => Ok (preferred, next_timeout)
  | t :: l =>
    tracker_timeout ← tracker_next_timeout_promiscuous w t;
    if negb (tracker_timeout =? 0) then
      tracker_find_preferred w l preferred preferred_time_last (Z.min tracker_timeout next_timeout)
    else
      let time_last := u64 (activity_time_last (state w t)) in
      if time_last <? preferred_time_last then tracker_find_preferred w l (Some t) (u32 time_last) next_timeout
      else tracker_find_preferred w l preferred preferred_time_last next_timeout
  end.

(** The tracker of a group that is asked, if any. *)
Definition group_preferred (w : world) (t : tracker) (range : list tracker) (next_timeout : Z) : res (option tracker * Z) :=
  if negb (is_usable env w t) || negb (failed_counter (m_counters (state w t)) =? 0) then
    tracker_find_preferred w range None no_timeout next_timeout
  else
    tracker_timeout ← tracker_next_timeout_promiscuous w t;
    Ok (if negb (tracker_timeout =? 0) then (None, Z.min tracker_timeout next_timeout) else (Some t, next_timeout)).

(** The loop over the groups; each turn is a group, so the number of trackers
    is enough fuel. *)
Fixpoint promiscuous_loop (fuel : nat) (event : event_enum) (itr : nat) (next_timeout : Z) (w : world) : res (Z * world) :=
  match w_trackers w !! itr with
  | None => Ok (next_timeout, w)
  | Some t =>
    match fuel with
    | O => UB
    | S fuel =>
      let group_end := end_group (t_group t) w in
      if has_active_not_scrape_in_group (t_group t) w then promiscuous_loop fuel event group_end next_timeout w
      else
        _ ← ub_when (group_end <? itr)%nat;
        '(preferred, next_timeout) ←
          group_preferred w t (take (group_end - itr) (drop itr (w_trackers w))) next_timeout;
        w ← match preferred with Some p => send_event env (Some p) event w | None => Ok w end;
        promiscuous_loop fuel event group_end next_timeout w
    end
  end.

Definition do_timeout (w : world) : res world :=
  let w := set_timeout (SchedulerEntry.erase (m_task_timeout w)) w in
  if negb (is_active w) || negb (has_usable env w) then Ok w
  else
    let event := current_send_event w in
    if is_promiscuous_mode w || is_requesting w then
      '(next_timeout, w) ← promiscuous_loop (length (w_trackers w)) event 0 no_timeout w;
      if negb (next_timeout =? no_timeout) then update_timeout next_timeout w else Ok w
    else
      match find_next_to_request env 0 w with
      | None => Ok w
      | Some t =>
        let next_timeout := activity_time_next (state w t) in
        if next_timeout <=? cached_seconds env then send_event env (Some t) event w
        else update_timeout (u32 (next_timeout - cached_seconds env)) w
      end.

(** The loop of [do_scrape] over the groups. *)
Fixpoint scrape_loop (fuel : nat) (itr : nat) (w : world) : res world :=
  match w_trackers w !! itr with
  | None => Ok w
  | Some t =>
    match fuel with
    | O => UB
    | S fuel =>
      let group_end := end_group (t_group t) w in
      if has_active_in_group (t_group t) w then scrape_loop fuel group_end w
      else
        _ ← ub_when (group_end <? itr)%nat;
        w ← match snd (find_split (fun t => is_scrapable (state w t) && is_usable env w t)
                         (take (group_end - itr) (drop itr (w_trackers w)))) with
            | [] => Ok w
            | p :: _ => send_scrape env (Some p) w
            end;
        scrape_loop fuel group_end w
    end
  end.
Definition do_scrape (w : world) : res world := scrape_loop (length (w_trackers w)) 0 w.

(** ** Replies, as the slots of the list *)

Definition slot_success (l : list sockaddr) (w : world) : world * Z := (call_download (download_success l) w, env_new_peers env l).

Definition controller_success (t : tracker) (l : list sockaddr) (w : world) : res (world * Z) :=
  if negb (is_active w) then Ok (slot_success l w)
  else
    let w := set_c_flags (remove_flag (Z.lor (Z.lor mask_send flag_promiscuous_mode) flag_failure_mode) (c_flags w)) w in
    w ← (if is_requesting w then update_timeout 30 w
         else if negb (has_active w) then update_timeout (u32 (m_normal_interval (state w t))) w
         else Ok w);
    Ok (slot_success l w).

Definition controller_failure (t : tracker) (msg : bytes) (w : world) : res world :=
  if negb (is_active w) then Ok (call_download (download_failed msg) w)
  else
    w ← do_timeout (set_c_flags (add_flag flag_failure_mode (c_flags w)) w);
    Ok (call_download (download_failed msg) w).

Definition controller_scrape (t : tracker) (w : world) : res world := Ok w.
Definition controller_new_peers (l : list sockaddr) (w : world) : res (world * Z) := Ok (slot_success l w).

Definition receive_tracker_enabled (t : tracker) (w : world) : res world :=
  if negb (has_usable env w) then Ok w
  else if is_active w && negb (is_scheduled (m_task_timeout w)) && negb (has_active w) then update_timeout 0 w
  else Ok w.

Definition receive_tracker_disabled (t : tracker) (w : world) : res world :=
  if is_active w && negb (is_scheduled (m_task_timeout w)) then update_timeout 0 w else Ok w.
End controller.

(** ** The system

    The main thread calls the controller; the tracker thread takes the queued
    requests, and its workers answer with callbacks to the main thread.  Of a
    worker only what the list sees is modelled: when it takes a request it
    cancels every callback of its tracker that is still queued in either thread
    ([TrackerWorker::remove_events]), and from then on it is requesting, or it
    posts a failure; when it is done it posts a success or a failure.  A DHT
    worker that is told to stop just falls idle. *)

Inductive reply :=
  | reply_success (id : nat) (l : list sockaddr)
  | reply_failed (id : nat) (msg : bytes)
  | reply_scrape (id : nat) (success : bool)
  | reply_enabled (id : nat)
  | reply_disabled (id : nat)
  | reply_new_peers (l : list sockaddr).

Definition reply_of (id : nat) (r : reply) : bool :=
  match r with
  | reply_success i _ | reply_failed i _ | reply_scrape i _ | reply_enabled i | reply_disabled i => (i =? id)%nat
  | reply_new_peers _ => false
  end.
Definition request_of (id : nat) (r : request) : bool :=
  match r with send_event_request i _ _ | send_scrape_request i _ => (i =? id)%nat end.

Record system := System { s_world : world; s_replies : list reply; s_now : Z }.

Definition set_requests (l : list request) (w : world) : world :=
  World (w_trackers w) (w_states w) (w_next w) (m_key w) (m_numwant w) (c_flags w) (m_task_timeout w) (m_task_scrape w) l (w_calls w).

(** [remove_events]: callbacks of the tracker are dropped in both threads. *)
Definition remove_events (id : nat) (s : system) : system :=
  System (set_requests (List.filter (fun r => negb (request_of id r)) (w_requests (s_world s))) (s_world s))
         (List.filter (fun r => negb (reply_of id r)) (s_replies s)) (s_now s).

Inductive controller_call :=
  | call_start
  | call_stop
  | call_completed
  | call_update
  | call_manual (request_now : bool)
  | call_scrape (seconds : Z)
  | call_enable (flags : Z)
  | call_disable
  | call_start_requesting
  | call_stop_requesting
  | call_cancel
  | call_insert (group : Z) (url : bytes) (extra : bool)
  | call_enable_tracker (t : tracker)
  | call_disable_tracker (t : tracker)
  | call_cycle (group : Z)
  | call_numwant (n : Z).

Inductive step :=
  | step_time (now : Z)
  | step_call (c : controller_call)
  | step_timer
  | step_scrape_timer
  | step_request (refused : option bytes)
  | step_done (t : tracker) (intervals : option (Z * Z)) (result : list sockaddr + bytes)
  | step_new_peers (l : list sockaddr)
  | step_reply.

Definition idle (s : TrackerState) : TrackerState :=
  set_flags (remove_flag TrackerState.flag_requesting (remove_flag flag_starting_request (m_flags s))) s.
Definition requesting (s : TrackerState) : TrackerState :=
  set_flags (add_flag TrackerState.flag_requesting (remove_flag flag_starting_request (m_flags s))) s.

Definition find_id (id : nat) (w : world) : option tracker :=
  snd <$> list_find (fun t => t_id t = id) (w_trackers w).

Section system.
Context `{ByteOrder}.
Context (base : environment).

(** The environment at a time. *)
Definition env_at (now : Z) : environment :=
  Env now (env_dht_valid base) (env_dht_active base) (env_uploaded base) (env_completed base) (env_left base) (env_new_peers base).

Definition run_controller (now : Z) (c : controller_call) (w : world) : res (world * list reply) :=
  let env := env_at now in
  let just (r : res world) := w ← r; Ok (w, []) in
  match c with
  | call_start => just (send_start_event env w)
  | call_stop => just (send_stop_event env w)
  | call_completed => just (send_completed_event env w)
  | call_update => just (send_update_event env w)
  | call_manual b => just (manual_request env b w)
  | call_scrape n => just (scrape_request env n w)
  | call_enable f => just (enable env f w)
  | call_disable => just (Ok (disable w))
  | call_start_requesting => just (start_requesting env w)
  | call_stop_requesting => just (Ok (stop_requesting w))
  | call_cancel => just (Ok (close w))
  | call_insert group url extra => just (insert_url env (receive_tracker_enabled env) group url extra w)
  | call_enable_tracker t =>
      let '(w, posted) := TrackerList.enable t w in Ok (w, if posted : bool then [reply_enabled (t_id t)] else [])
  | call_disable_tracker t =>
      let '(w, posted) := TrackerList.disable t w in Ok (w, if posted : bool then [reply_disabled (t_id t)] else [])
  | call_cycle group => just (Ok (cycle_group group w))
  | call_numwant n => just (Ok (set_numwant n w))
  end.

(** The tracker thread takes the next request. *)
Definition take_request (refused : option bytes) (s : system) : system :=
  match w_requests (s_world s) with
  | [] => s
  | send_event_request id _ event :: rest =>
    let s := System (set_requests rest (s_world s)) (s_replies s) (s_now s) in
    match find_id id (s_world s) with
    | None => s
    | Some t =>
      let s := remove_events id s in
      let w := update_state t (set_latest_event event) (mark_starting_request t (s_world s)) in
      match refused with
      | Some msg => System (update_state t idle w) (s_replies s ++ [reply_failed id msg]) (s_now s)
      | None =>
        if is_dht t && bool_decide (event = EVENT_STOPPED) then System (update_state t idle w) (s_replies s) (s_now s)
        else System (update_state t requesting w) (s_replies s) (s_now s)
      end
    end
  | send_scrape_request id _ :: rest =>
    let s := System (set_requests rest (s_world s)) (s_replies s) (s_now s) in
    match find_id id (s_world s) with
    | None => s
    | Some t =>
      System (update_state t (fun x => requesting (set_latest_event EVENT_SCRAPE x)) (s_world s)) (s_replies s) (s_now s)
    end
  end.

Definition set_both (intervals : option (Z * Z)) (s : TrackerState) : TrackerState :=
  match intervals with
  | Some (normal, min) => set_min_interval min (set_normal_interval normal s)
  | None => s
  end.

(** A worker is done with its request. *)
Definition finish (t : tracker) (intervals : option (Z * Z)) (result : list sockaddr + bytes) (s : system) : system :=
  let w := s_world s in
  let posted :=
    if is_scraping w t then reply_scrape (t_id t) (match result with inl _ => true | inr _ => false end)
    else match result with inl l => reply_success (t_id t) l | inr msg => reply_failed (t_id t) msg end in
  System (update_state t (fun x => idle (set_both intervals x)) w) (s_replies s ++ [posted]) (s_now s).

(** The main thread takes the next callback. *)
Definition deliver (r : reply) (now : Z) (w : world) : res world :=
  let env := env_at now in
  let known (id : nat) (k : tracker -> res world) := match find_id id w with Some t => k t | None => Ok w end in
  match r with
  | reply_success id l => known id (fun t => receive_success env (controller_success env) t l w)
  | reply_failed id msg => known id (fun t => receive_failed env (controller_failure env) t msg w)
  | reply_scrape id true => known id (fun t => receive_scrape_success env controller_scrape t w)
  | reply_scrape id false => known id (fun t => receive_scrape_failed t w)
  | reply_enabled id => known id (fun t => receive_tracker_enabled env t w)
  | reply_disabled id => known id (fun t => receive_tracker_disabled env t w)
  | reply_new_peers l => receive_new_peers (controller_new_peers env) l w
  end.

Definition run_step (x : step) (s : system) : res system :=
  match x with
  | step_time now => Ok (System (s_world s) (s_replies s) now)
  | step_call c => '(w, posted) ← run_controller (s_now s) c (s_world s); Ok (System w (s_replies s ++ posted) (s_now s))
  | step_timer =>
    w ← do_timeout (env_at (s_now s)) (set_timeout None (s_world s)); Ok (System w (s_replies s) (s_now s))
  | step_scrape_timer =>
    w ← do_scrape (env_at (s_now s)) (set_scrape_timer None (s_world s)); Ok (System w (s_replies s) (s_now s))
  | step_request refused => Ok (take_request refused s)
  | step_done t intervals result => Ok (finish t intervals result s)
  | step_new_peers l => Ok (System (s_world s) (s_replies s ++ [reply_new_peers l]) (s_now s))
  | step_reply =>
    match s_replies s with
    | [] => Ok s
    | r :: rest => w ← deliver r (s_now s) (s_world s); Ok (System w rest (s_now s))
    end
  end.
End system.

(** ** What keeps a controller going *)

(** A request that leads to an answer: all but telling a DHT worker to stop. *)
Definition announces (t : tracker) (event : event_enum) : Prop := ~ (is_dht t = true /\ event = EVENT_STOPPED).

Definition on_the_way (w : world) (t : tracker) : Prop :=
  busy w t = true \/ exists p event, send_event_request (t_id t) p event ∈ w_requests w /\ announces t event.
Definition flight (w : world) : Prop := exists t, t ∈ w_trackers w /\ on_the_way w t.

(** What is known of a tracker at a time: intervals within their limits, no
    time in the future, no scrape. *)
Record state_ok (now : Z) (s : TrackerState) : Prop := {
  so_min : min_min_interval <= m_min_interval s <= max_min_interval;
  so_normal : min_normal_interval <= m_normal_interval s <= max_normal_interval;
  so_success : 0 <= success_time_last (m_counters s) <= now;
  so_failed : 0 <= failed_time_last (m_counters s) <= now;
  so_failed_count : 0 <= failed_counter (m_counters s) < 2 ^ 32;
  so_success_count : 0 <= success_counter (m_counters s) < 2 ^ 32;
  so_failed_time : failed_counter (m_counters s) <> 0 -> failed_time_last (m_counters s) <> 0;
  so_event : m_latest_event s <> EVENT_SCRAPE;
}.

(** From a year after the epoch to the last second of 32 bits. *)
Definition clock_ok (now : Z) : Prop := days 365 <= now < seconds (2 ^ 32 - 1).

(** A request for a tracker of the list. *)
Definition announcement (w : world) (r : request) : Prop :=
  exists t p event, r = send_event_request (t_id t) p event /\ t ∈ w_trackers w /\ event <> EVENT_SCRAPE.

(** The timer is at most eight hours ahead, rounded up. *)
Definition max_wait : Z := 8 * 3600.
Definition max_delay : Z := seconds (max_wait + 1).
Definition timer_ok (now : Z) (w : world) : Prop := forall time, m_task_timeout w = Some time -> time <= now + max_delay.

Record world_ok (now : Z) (w : world) : Prop := {
  wo_clock : clock_ok now;
  wo_list : list_ok w;
  wo_states t : t ∈ w_trackers w -> state_ok (now ÷ 1000000) (state w t);
  wo_requests r : r ∈ w_requests w -> announcement w r;
  wo_timer : timer_ok now w;
}.

(** The calls of the controller leave the trackers and their states alone, and
    queue requests for trackers of the list. *)
Record frame_at (now : Z) (w w' : world) : Prop := {
  fr_trackers : w_trackers w' = w_trackers w;
  fr_states : w_states w' = w_states w;
  fr_next : w_next w' = w_next w;
  fr_requests : exists l, w_requests w' = w_requests w ++ l /\
    Forall (announcement w) l;
  fr_timer : timer_ok now w -> timer_ok now w';
}.

#[export] Instance frame_refl now : Reflexive (frame_at now).
Proof. intros w. constructor; [done..| |done]. exists []. rewrite app_nil_r. split; [done|constructor]. Qed.

#[export] Instance frame_trans now : Transitive (frame_at now).
Proof.
  intros a b c [T1 S1 N1 (l1 & R1 & F1) M1] [T2 S2 N2 (l2 & R2 & F2) M2]. constructor; [congruence..| |auto].
  exists (l1 ++ l2). rewrite R2, R1, app_assoc. split; [done|]. apply Forall_app. split; [done|].
  eapply Forall_impl; [exact F2|]. unfold announcement. by rewrite T1.
Qed.

Lemma frame_timer now f e c w : (timer_ok now w -> timer_ok now (set_controller f e c w)) -> frame_at now w (set_controller f e c w).
Proof. intros Ht. constructor; [done..| |done]. exists []. rewrite app_nil_r. split; [done|constructor]. Qed.

Lemma frame_same now f c w : frame_at now w (set_controller f (m_task_timeout w) c w).
Proof. by apply frame_timer. Qed.

Lemma frame_none now f c w : frame_at now w (set_controller f None c w).
Proof. apply frame_timer. intros _ time [=]. Qed.

Lemma frame_some now f time c w : time <= now + max_delay -> frame_at now w (set_controller f (Some time) c w).
Proof. intros Ht. apply frame_timer. by intros _ ? [= <-]. Qed.

Ltac frame_controller := first [apply frame_same | apply frame_none | apply frame_some; assumption].

Lemma frame_state {now} w w' t : frame_at now w w' -> state w' t = state w t.
Proof. intros [_ S _ _ _]. unfold state. by rewrite S. Qed.

Lemma frame_busy {now} w w' t : frame_at now w w' -> busy w' t = busy w t.
Proof. intros Hf. unfold busy. by erewrite (frame_state w w'). Qed.

Lemma frame_ok now w w' : world_ok now w -> frame_at now w w' -> world_ok now w'.
Proof.
  intros [Hc [Hs Hn Hk] Hst Hr Hti] Hf. destruct (Hf) as [T S N (l & R & F) M]. constructor; [done| | | |auto].
  - constructor; rewrite ?T, ?N; done.
  - intros t Ht. erewrite (frame_state w w') by done. apply Hst. by rewrite <- T.
  - intros r Hin. unfold announcement. rewrite T. rewrite R in Hin. apply elem_of_app in Hin as [Hin|Hin]; [by apply Hr|].
    rewrite Forall_forall in F. by apply F.
Qed.

Lemma frame_flight {now} w w' : frame_at now w w' -> flight w -> flight w'.
Proof.
  intros Hf (t & Ht & Hw). destruct (Hf) as [T _ _ (l & R & _) _]. exists t. rewrite T. split; [done|].
  destruct Hw as [Hb|(p & ev & Hin & Ha)]; [left; by erewrite (frame_busy w w')|right].
  exists p, ev. rewrite R. split; [apply elem_of_app; by left|done].
Qed.

(** ** Flags of the controller *)

Lemma active_add g x : has_flag flag_active (add_flag g x) = has_flag flag_active x || Z.testbit g 4.
Proof. by apply (has_flag_add 4). Qed.
Lemma active_remove g x : has_flag flag_active (remove_flag g x) = has_flag flag_active x && negb (Z.testbit g 4).
Proof. by apply (has_flag_remove 4). Qed.
Lemma stop_add g x : has_flag flag_send_stop (add_flag g x) = has_flag flag_send_stop x || Z.testbit g 3.
Proof. by apply (has_flag_add 3). Qed.
Lemma stop_remove g x : has_flag flag_send_stop (remove_flag g x) = has_flag flag_send_stop x && negb (Z.testbit g 3).
Proof. by apply (has_flag_remove 3). Qed.

Ltac eval_testbit :=
  repeat match goal with
  | |- context [Z.testbit ?g ?n] => let b := eval vm_compute in (Z.testbit g n) in change (Z.testbit g n) with b
  end.
Ltac flag_simpl :=
  unfold is_active; cbn [set_c_flags set_timeout set_controller close c_flags];
  rewrite ?active_add, ?active_remove, ?stop_add, ?stop_remove, ?active_add, ?active_remove, ?stop_add, ?stop_remove;
  eval_testbit; rewrite ?orb_false_r, ?andb_true_r.

Section calls.
Context (env : environment).
#[local] Abbreviation frame := (frame_at (env_now env)).

Lemma frame_usable w w' t : frame w w' -> is_usable env w' t = is_usable env w t.
Proof. intros Hf. unfold is_usable. by erewrite (frame_state w w'). Qed.

Lemma frame_has_usable w w' : frame w w' -> has_usable env w' = has_usable env w.
Proof.
  intros Hf. unfold has_usable. rewrite (fr_trackers _ w w' Hf). induction (w_trackers w) as [|t l IH]; [done|].
  cbn. by rewrite IH, (frame_usable w w').
Qed.

Lemma ceil_seconds_bounds t : 0 <= t -> t <= ceil_seconds t < t + seconds 1.
Proof.
  intros Ht. unfold ceil_seconds, seconds. rewrite Z.quot_div_nonneg by lia.
  pose proof (Z.div_mod (t + 1 * 1000000 - 1) 1000000). pose proof (Z.mod_pos_bound (t + 1 * 1000000 - 1) 1000000). lia.
Qed.

Lemma update_timeout_ok n w : clock_ok (env_now env) -> is_active w = true -> 0 <= n <= max_wait ->
  exists time, env_now env + seconds n <= time <= env_now env + max_delay /\ update_timeout env n w = Ok (set_timeout (Some time) w).
Proof.
  intros Hc Ha Hn. unfold clock_ok, days in Hc. unfold update_timeout, max_delay, max_wait in *. rewrite Ha. cbn [negb throw_when mbind res_bind].
  destruct (n =? 0) eqn:E; bool_prop.
  - exists (env_now env). unfold update_wait_for, update_wait_until, days, seconds in *.
    rewrite (proj2 (Z.ltb_ge _ _)), (proj2 (Z.eqb_neq _ _)), (proj2 (Z.ltb_ge _ _)) by lia. cbn. split; [lia|]. by rewrite Z.add_0_r.
  - exists (ceil_seconds (env_now env + seconds n)). unfold update_wait_for_ceil_seconds, update_wait_until, days.
    pose proof (ceil_seconds_bounds (env_now env + seconds n)) as Hceil. unfold seconds in *.
    rewrite (proj2 (Z.ltb_ge (10 * 365 * 86400 * 1000000) (n * 1000000))) by lia.
    rewrite (proj2 (Z.eqb_neq _ _)), (proj2 (Z.ltb_ge _ _)) by lia. cbn. split; [lia|done].
Qed.

Lemma find_Some w t : list_ok w -> t ∈ w_trackers w -> exists i, find t w = Some i /\ w_trackers w !! i = Some t.
Proof.
  intros Hw Ht. unfold find. destruct (list_find (fun t' => t_id t' = t_id t) (w_trackers w)) as [[i u]|] eqn:E.
  - apply list_find_Some in E as (Hi & Hid & _). exists i. split; [done|].
    apply list_elem_of_lookup in Ht as (j & Hj). pose proof (list_nodup w Hw) as Hn.
    assert (i = j) as ->; [|done]. eapply NoDup_lookup; [exact Hn|by rewrite list_lookup_fmap, Hi|rewrite list_lookup_fmap, Hj; by cbn; rewrite Hid].
  - exfalso. apply list_find_None in E. rewrite Forall_forall in E. by apply (E t Ht).
Qed.

Lemma send_event_ok w t event : list_ok w -> t ∈ w_trackers w -> event <> EVENT_SCRAPE ->
  exists w', send_event env (Some t) event w = Ok w' /\ frame w w' /\
    c_flags w' = c_flags w /\ m_task_timeout w' = m_task_timeout w /\
    (is_usable env w t = true -> announces t event -> on_the_way w' t).
Proof.
  intros Hw Ht He. destruct (find_Some w t Hw Ht) as (i & Hi & _). unfold send_event. rewrite Hi. cbn [is_Some].
  rewrite (bool_decide_eq_true_2 (is_Some (Some i))) by done. cbn [negb throw_when mbind res_bind].
  rewrite (bool_decide_eq_false_2 (event = EVENT_SCRAPE)) by done. rewrite orb_false_r.
  destruct (is_usable env w t) eqn:Eu; cbn [negb]; [|exists w; done].
  destruct (busy w t && _) eqn:Eb.
  - exists w. split_and!; [done..|]. intros _ _. left. by apply andb_true_iff in Eb as [-> _].
  - eexists. split_and!; [reflexivity|constructor; [done..| |done]|done|done|].
    + eexists. split; [reflexivity|]. constructor; [|constructor]. exists t. eauto.
    + intros _ Ha. right. eexists _, event. split; [apply elem_of_app; right; left|done].
Qed.

(** The times a tracker is asked at are not far off. *)
Lemma activity_time_next_bound s : let now := cached_seconds env in state_ok now s -> 0 <= now ->
  0 <= activity_time_next s <= now + max_normal_interval.
Proof.
  intros now Hs Hnow. destruct Hs as [H1 H2 H3 H4 H5 H6 H7 _]. unfold min_min_interval, max_min_interval, min_normal_interval, max_normal_interval in *.
  unfold activity_time_next. destruct (failed_counter (m_counters s) =? 0) eqn:E; cbn [negb]; bool_prop.
  - unfold success_time_next, min_normal_interval. destruct (_ =? 0); lia.
  - pose proof (failed_backoff s) as Hb. cbv zeta in Hb. unfold max_min_interval in Hb. lia.
Qed.

Lemma cached_nonneg : clock_ok (env_now env) -> 0 < cached_seconds env < 2 ^ 32 - 1.
Proof.
  unfold clock_ok, days, seconds, cached_seconds. intros Hc. rewrite Z.quot_div_nonneg by lia. split.
  - apply Z.div_str_pos. lia.
  - apply Z.div_lt_upper_bound; lia.
Qed.

Lemma promiscuous_timeout_ok w t : clock_ok (env_now env) -> state_ok (cached_seconds env) (state w t) ->
  exists n, tracker_next_timeout_promiscuous env w t = Ok n /\
    (n = no_timeout /\ (busy w t = true \/ is_usable env w t = false) \/ 0 <= n <= max_normal_interval /\ is_usable env w t = true).
Proof.
  intros Hc Hs. pose proof (cached_nonneg Hc) as Hnow. unfold tracker_next_timeout_promiscuous, is_requesting_not_scrape, is_scraping.
  destruct (Hs) as [H1 H2 H3 H4 H5 H6 H7 H8]. rewrite bool_decide_eq_false_2 by done.
  unfold min_min_interval, max_min_interval, min_normal_interval, max_normal_interval in *.
  destruct (busy w t) eqn:Eb; [eexists; split; [reflexivity|left; auto]|].
  destruct (is_usable env w t) eqn:Eu; cbn [orb negb]; [|eexists; split; [reflexivity|left; auto]].
  destruct (failed_counter (m_counters (state w t)) =? 0) eqn:E; cbn [negb]; bool_prop.
  - cbn [mbind res_bind]. eexists. split; [reflexivity|right]. split; [|done].
    unfold activity_time_last. rewrite E. cbn [negb]. change (0 =? 0) with true. cbn [negb].
    rewrite u32_small by lia. lia.
  - rewrite (proj2 (Z.eqb_neq _ _)) by auto. cbn [throw_when mbind res_bind]. eexists. split; [reflexivity|right]. split; [|done].
    pose proof (failed_backoff (state w t)) as Hb. cbv zeta in Hb. unfold max_min_interval in Hb.
    unfold activity_time_last. rewrite (proj2 (Z.eqb_neq _ _)) by done. cbn [negb]. rewrite u32_small by lia. lia.
Qed.

(** A timeout of a tracker, or none. *)
Definition timeout_ok (n : Z) : Prop := n = no_timeout \/ 0 <= n <= max_normal_interval.

Lemma timeout_min a b : timeout_ok a -> timeout_ok b -> timeout_ok (Z.min a b).
Proof. unfold timeout_ok, no_timeout, max_normal_interval. lia. Qed.

Lemma timeout_le a : timeout_ok a -> a <= no_timeout.
Proof. unfold timeout_ok, no_timeout, max_normal_interval. lia. Qed.

Lemma time_last_bound s : clock_ok (env_now env) -> state_ok (cached_seconds env) s -> 0 <= activity_time_last s < no_timeout.
Proof.
  intros Hc Hs. pose proof (cached_nonneg Hc). destruct Hs as [_ _ H3 H4 _ _ _ _]. unfold activity_time_last, no_timeout.
  destruct (negb _); lia.
Qed.

(** A tracker that can be asked is preferred, or the timeout tells when. *)
Lemma find_preferred_ok w l : clock_ok (env_now env) -> Forall (fun t => state_ok (cached_seconds env) (state w t)) l ->
  forall preferred last next, timeout_ok next -> (preferred = None -> last = no_timeout) ->
  exists preferred' next', tracker_find_preferred env w l preferred last next = Ok (preferred', next') /\
    timeout_ok next' /\ next' <= next /\
    (preferred' = None -> preferred = None /\
      forall t, t ∈ l -> is_usable env w t = true -> busy w t = true \/ next' <= max_normal_interval) /\
    (forall p, preferred' = Some p -> preferred = Some p \/ p ∈ l /\ is_usable env w p = true).
Proof.
  intros Hc. induction 1 as [|t l Ht Hl IH]; intros preferred last next Hn Hlast; cbn [tracker_find_preferred].
  - exists preferred, next. split_and!; [done|done|lia| |auto]. intros Hp. split; [done|]. intros t Ht. by apply elem_of_nil in Ht.
  - destruct (promiscuous_timeout_ok w t Hc Ht) as (n & -> & Hcase). cbn [mbind res_bind].
    destruct (n =? 0) eqn:E; cbn [negb]; bool_prop.
    + destruct Hcase as [[-> _]|[_ Hu]]; [done|]. pose proof (time_last_bound _ Hc Ht) as Hb.
      rewrite u64_small by (unfold no_timeout in Hb; lia).
      destruct (activity_time_last (state w t) <? last) eqn:El; bool_prop.
      * destruct (IH (Some t) (u32 (activity_time_last (state w t))) next Hn) as (p' & n' & E1 & E2 & E3 & E4 & E5); [done|].
        exists p', n'. split_and!; [done..| |].
        -- intros Hp. by apply E4 in Hp as [? _].
        -- intros p Hp. apply E5 in Hp as [[= <-]|[? ?]]; right; (split; [|done]); [left|by right].
      * destruct (IH preferred last next Hn Hlast) as (p' & n' & E1 & E2 & E3 & E4 & E5).
        exists p', n'. split_and!; [done..| |].
        -- intros Hp. exfalso. apply E4 in Hp as [Hp _]. rewrite Hlast in El by done. lia.
        -- intros p Hp. apply E5 in Hp as [?|[? ?]]; [by left|right]. split; [by right|done].
    + assert (Hn' : timeout_ok n) by (destruct Hcase as [[? _]|[? _]]; [by left|by right]).
      destruct (IH preferred last (Z.min n next) (timeout_min _ _ Hn' Hn) Hlast) as (p' & n' & E1 & E2 & E3 & E4 & E5).
      exists p', n'. split_and!; [done|done|lia| |].
      * intros Hp. destruct (E4 Hp) as [E6 E7]. split; [done|]. intros u [->|Hu]%elem_of_cons Huse; [|by apply E7].
        destruct Hcase as [[_ [?|?]]|[? _]]; [by left|congruence|right; lia].
      * intros p Hp. apply E5 in Hp as [?|[? ?]]; [by left|right]. split; [by right|done].
Qed.

Lemma group_preferred_ok w t range next : world_ok (env_now env) w -> t ∈ w_trackers w -> range ⊆ w_trackers w -> timeout_ok next ->
  exists preferred next', group_preferred env w t range next = Ok (preferred, next') /\ timeout_ok next' /\ next' <= next /\
    match preferred with
    | Some p => p ∈ w_trackers w /\ is_usable env w p = true
    | None => flight w \/ next' <= max_normal_interval \/ forall u, u ∈ range -> is_usable env w u = false
    end.
Proof.
  intros [Hc Hl Hs _] Ht Hr Hn. unfold group_preferred.
  assert (Hbusy : forall u, u ∈ w_trackers w -> busy w u = true -> flight w) by (intros u Hu Hb; exists u; split; [done|by left]).
  destruct (negb (is_usable env w t) || _) eqn:E.
  - destruct (find_preferred_ok w range Hc) with (preferred := @None tracker) (last := no_timeout) (next := next)
      as (p & n & E1 & E2 & E3 & E4 & E5); [|done|done|].
    { apply Forall_forall. intros u Hu. by apply Hs, Hr. }
    exists p, n. split_and!; [done..|]. destruct p as [p|].
    + destruct (E5 p eq_refl) as [?|[? ?]]; [done|]. split; [by apply Hr|done].
    + destruct (E4 eq_refl) as [_ E6]. destruct (decide (n <= max_normal_interval)) as [|Hgt]; [auto|].
      destruct (existsb (is_usable env w) range) eqn:Eu.
      * apply existsb_exists in Eu as (u & Hu & Huse). apply list_elem_of_In in Hu.
        destruct (E6 u Hu Huse) as [Hb|?]; [left; by apply (Hbusy u); [apply Hr|]|done].
      * do 2 right. intros u Hu. destruct (is_usable env w u) eqn:Eu'; [|done]. exfalso.
        apply (not_true_iff_false (existsb (is_usable env w) range)) in Eu. apply Eu, existsb_exists. exists u.
        split; [by apply list_elem_of_In|done].
  - apply orb_false_iff in E as [E _]. apply negb_false_iff in E.
    destruct (promiscuous_timeout_ok w t Hc (Hs t Ht)) as (n & -> & Hcase). cbn [mbind res_bind].
    destruct (n =? 0) eqn:E0; cbn [negb]; bool_prop.
    + exists (Some t), next. split_and!; [done..|lia|done|done].
    + assert (Hn' : timeout_ok n) by (destruct Hcase as [[? _]|[? _]]; [by left|by right]).
      exists None, (Z.min n next). split_and!; [done|by apply timeout_min|lia|].
      destruct Hcase as [[_ [?|?]]|[? _]]; [left; by apply (Hbusy t)|congruence|right; left; lia].
Qed.

Lemma has_active_flight w l : existsb (busy w) l = true -> l ⊆ w_trackers w -> flight w.
Proof.
  intros (t & Ht & Hb)%existsb_exists Hl. apply list_elem_of_In in Ht. exists t. split; [by apply Hl|by left].
Qed.

Lemma not_scrape_busy w t : is_requesting_not_scrape w t = true -> busy w t = true.
Proof. unfold is_requesting_not_scrape. by destruct (is_scraping w t). Qed.

Lemma existsb_mono {A} (f g : A -> bool) l : (forall x, f x = true -> g x = true) -> existsb f l = true -> existsb g l = true.
Proof. intros Hfg (x & Hx & Hf)%existsb_exists. apply existsb_exists. exists x. auto. Qed.

Lemma sub_take_drop {A} n m (l : list A) : take n (drop m l) ⊆ l.
Proof. intros x Hx. apply list_elem_of_lookup in Hx as (i & Hx). apply lookup_take_Some in Hx as [Hx _]. rewrite lookup_drop in Hx. by eapply list_elem_of_lookup_2. Qed.

(** Every turn of the loop asks a tracker, or finds one being asked, or lowers
    the timeout, unless nothing of the group is usable. *)
Lemma promiscuous_loop_ok event fuel itr next w : world_ok (env_now env) w -> event <> EVENT_SCRAPE ->
  (length (w_trackers w) <= fuel + itr)%nat -> timeout_ok next ->
  exists next' w', promiscuous_loop env fuel event itr next w = Ok (next', w') /\ frame w w' /\
    c_flags w' = c_flags w /\ m_task_timeout w' = m_task_timeout w /\ timeout_ok next' /\ next' <= next /\
    (event <> EVENT_STOPPED -> forall j t, w_trackers w !! j = Some t -> (itr <= j)%nat -> is_usable env w t = true ->
      next' <= max_normal_interval \/ flight w').
Proof.
  intros Hw He. revert itr next w Hw. induction fuel as [|fuel IH]; intros itr next w Hw Hlen Hn; cbn [promiscuous_loop];
    destruct (w_trackers w !! itr) as [t|] eqn:Ht.
  - apply lookup_lt_Some in Ht. lia.
  - exists next, w. split_and!; [done..|lia|]. intros _ j u Hj Hij _. apply lookup_ge_None in Ht. apply lookup_lt_Some in Hj. lia.
  - pose proof (group_bounds w itr t (wo_list _ _ Hw) Ht) as Hb. set (ge := end_group (t_group t) w) in *.
    destruct (has_active_not_scrape_in_group (t_group t) w) eqn:Ea.
    + destruct (IH ge next w Hw ltac:(lia) Hn) as (n' & w' & E1 & E2 & E3 & E4 & E5 & E6 & _).
      exists n', w'. split_and!; [done..|]. intros _ _ _ _ _ _. right. eapply (frame_flight w w' E2).
      apply (has_active_flight w (group_range (t_group t) w)); [|apply sub_take_drop].
      unfold has_active_not_scrape_in_group in Ea. eapply existsb_mono; [|exact Ea]. apply not_scrape_busy.
    + rewrite (proj2 (Nat.ltb_ge ge itr)) by lia. cbn [ub_when mbind res_bind].
      set (range := take (ge - itr) (drop itr (w_trackers w))).
      assert (Htin : t ∈ w_trackers w) by by eapply list_elem_of_lookup_2.
      destruct (group_preferred_ok w t range next Hw Htin (sub_take_drop _ _ _) Hn) as (p & n1 & -> & F1 & F2 & F3). cbn [mbind res_bind].
      assert (exists w1, match p with Some p => send_event env (Some p) event w | None => Ok w end = Ok w1 /\ frame w w1 /\
        c_flags w1 = c_flags w /\ m_task_timeout w1 = m_task_timeout w /\
        (event <> EVENT_STOPPED -> flight w1 \/ n1 <= max_normal_interval \/ forall u, u ∈ range -> is_usable env w u = false))
        as (w1 & -> & G1 & G2 & G3 & G4).
      { destruct p as [p|]; [|exists w; split_and!; [done..|auto]]. destruct F3 as [Hp Hu].
        destruct (send_event_ok w p event (wo_list _ _ Hw) Hp He) as (w1 & -> & G1 & G2 & G3 & G4).
        exists w1. split_and!; [done..|]. intros Hs. left. exists p. rewrite (fr_trackers _ _ _ G1). split; [done|].
        apply G4; [done|]. by intros [_ ?]. }
      cbn [mbind res_bind]. pose proof (frame_ok _ _ _ Hw G1) as Hw1.
      destruct (IH ge n1 w1 Hw1) as (n' & w' & E1 & E2 & E3 & E4 & E5 & E6 & E7); [rewrite (fr_trackers _ _ _ G1); lia|done|].
      exists n', w'. split_and!; [done|by etrans|congruence|congruence|done|lia|].
      intros Hs j u Hj Hij Hu. destruct (G4 Hs) as [Hf|[?|Hnone]]; [right; by eapply (frame_flight w1)|left; lia|].
      destruct (decide (j < ge)%nat) as [Hlt|Hge].
      * exfalso. assert (u ∈ range); [|by rewrite Hnone in Hu]. apply list_elem_of_lookup. exists (j - itr)%nat.
        unfold range. rewrite lookup_take_lt by lia. rewrite lookup_drop. by replace (itr + (j - itr))%nat with j by lia.
      * apply (E7 Hs j u); [by rewrite (fr_trackers _ _ _ G1)|lia|by rewrite (frame_usable w w1)].
  - exists next, w. split_and!; [done..|lia|]. intros _ j u Hj Hij _. apply lookup_ge_None in Ht. apply lookup_lt_Some in Hj. lia.
Qed.

(** The controller of a running torrent that can ask a tracker waits for a
    timer or an answer. *)
Definition wants (w : world) : Prop :=
  is_active w = true /\ has_usable env w = true /\ has_flag flag_send_stop (c_flags w) = false.
Definition waits (w : world) : Prop := is_scheduled (m_task_timeout w) = true \/ flight w.

Lemma has_usable_elem w : has_usable env w = true -> exists j t, w_trackers w !! j = Some t /\ is_usable env w t = true.
Proof.
  intros (t & Ht & Hu)%existsb_exists. apply list_elem_of_In, list_elem_of_lookup in Ht as (j & Hj). eauto.
Qed.

Lemma send_event_not_scrape w : current_send_event w <> EVENT_SCRAPE.
Proof. unfold current_send_event. by repeat destruct (_ =? _). Qed.

Lemma send_event_not_stopped w : has_flag flag_send_stop (c_flags w) = false -> current_send_event w <> EVENT_STOPPED.
Proof.
  intros Hf Hs. assert (Hm : Z.land (c_flags w) mask_send = flag_send_stop).
  { unfold current_send_event in Hs. destruct (_ =? flag_send_start); [discriminate|].
    destruct (_ =? flag_send_stop) eqn:E; [by bool_prop|]. destruct (_ =? flag_send_completed); discriminate. }
  assert (Ht : Z.testbit (Z.land (c_flags w) mask_send) 3 = true) by by rewrite Hm.
  rewrite Z.land_spec in Ht. apply andb_true_iff in Ht as [Ht _].
  change flag_send_stop with (2 ^ 3) in Hf. rewrite has_flag_bit in Hf by lia. congruence.
Qed.

Lemma next_request_flight w : world_ok (env_now env) w -> has_usable env w = true ->
  find_next_to_request env 0 w = None -> flight w.
Proof.
  intros Hw (j & t & Hj & Hu)%has_usable_elem E. pose proof (find_split_pre (can_request_state env w) (w_trackers w)) as Hpre.
  pose proof (find_split_app (can_request_state env w) (w_trackers w)) as Ha. unfold find_next_to_request in E. rewrite drop_0 in E.
  destruct (find_split (can_request_state env w) (w_trackers w)) as [pre [|u l]]; cbn [fst snd] in *.
  2: { by destruct (_ =? 0). }
  rewrite app_nil_r in Ha. subst pre. rewrite Forall_lookup in Hpre. specialize (Hpre j t Hj). cbn beta in Hpre.
  assert (Ht : t ∈ w_trackers w) by by eapply list_elem_of_lookup_2. exists t. split; [done|left].
  unfold can_request_state, is_usable in *. destruct (is_dht t && negb (env_dht_active env)); [done|]. rewrite Hu in Hpre. cbn [negb] in Hpre.
  unfold busy. destruct (TrackerState.is_requesting (state w t)); [done|discriminate].
Qed.

Lemma next_request_in w t : find_next_to_request env 0 w = Some t -> t ∈ w_trackers w /\ is_usable env w t = true.
Proof.
  intros E. assert (Hin : t ∈ w_trackers w /\ can_request_state env w t = true) by by apply next_to_request_in.
  destruct Hin as [Hin Hc]. split; [done|].
  unfold can_request_state, is_usable in *. destruct (is_dht t && negb (env_dht_active env)); [done|]. by destruct (is_enabled (state w t)).
Qed.

Lemma do_timeout_ok w : world_ok (env_now env) w ->
  exists w', do_timeout env w = Ok w' /\ frame w w' /\ c_flags w' = c_flags w /\ (wants w' -> waits w').
Proof.
  intros Hw0. unfold do_timeout. set (v := set_timeout _ w).
  assert (Hv : frame w v) by frame_controller. pose proof (frame_ok _ _ _ Hw0 Hv) as Hw.
  assert (Hf : c_flags v = c_flags w) by done. revert Hv Hw Hf. generalize v. clear v Hw0. intros v Hv Hw Hf.
  destruct (negb (is_active v) || negb (has_usable env v)) eqn:E.
  { exists v. split_and!; [done..|]. intros (H1 & H2 & _). by rewrite H1, H2 in E. }
  apply orb_false_iff in E as [Ea Eu]. apply negb_false_iff in Ea, Eu. pose proof (wo_clock _ _ Hw) as Hc.
  destruct (is_promiscuous_mode v || is_requesting v).
  - destruct (promiscuous_loop_ok (current_send_event v) (length (w_trackers v)) 0 no_timeout v Hw (send_event_not_scrape v))
      as (n & v' & -> & E1 & E2 & E3 & E4 & _ & E6); [lia|by left|]. cbn [mbind res_bind].
    destruct (n =? no_timeout) eqn:En; cbn [negb]; bool_prop.
    + exists v'. split_and!; [done|by etrans|congruence|]. intros (_ & _ & Hs). right. rewrite E2 in Hs.
      destruct (has_usable_elem v Eu) as (j & t & Hj & Hu).
      destruct (E6 (send_event_not_stopped v Hs) j t Hj ltac:(lia) Hu) as [Hle|?]; [|done].
      subst n. unfold no_timeout, max_normal_interval in Hle. lia.
    + destruct E4 as [?|E4]; [done|].
      destruct (update_timeout_ok n v' Hc) as (time & [_ Htime] & ->); [unfold is_active; by rewrite E2|unfold max_wait, max_normal_interval in *; lia|].
      eexists. split_and!; [reflexivity|etrans; [exact Hv|]; etrans; [exact E1|frame_controller]|cbn; congruence|by left].
  - destruct (find_next_to_request env 0 v) as [t|] eqn:En.
    + destruct (next_request_in v t En) as [Ht Hu].
      destruct (activity_time_next (state v t) <=? cached_seconds env) eqn:El; bool_prop.
      * destruct (send_event_ok v t (current_send_event v) (wo_list _ _ Hw) Ht (send_event_not_scrape v)) as (v' & -> & E1 & E2 & E3 & E4).
        eexists. split_and!; [reflexivity|by etrans|congruence|]. intros (_ & _ & Hs). right. rewrite E2 in Hs.
        exists t. rewrite (fr_trackers _ _ _ E1). split; [done|]. apply E4; [done|]. intros [_ Hst]. by apply (send_event_not_stopped v).
      * pose proof (cached_nonneg Hc) as Hnow. pose proof (activity_time_next_bound (state v t) (wo_states _ _ Hw t Ht)) as Hb.
        cbv zeta in Hb. specialize (Hb ltac:(lia)). unfold max_normal_interval in Hb.
        destruct (update_timeout_ok (u32 (activity_time_next (state v t) - cached_seconds env)) v Hc Ea) as (time & [_ Htime] & ->).
        { rewrite u32_small by lia. unfold max_wait. lia. }
        eexists. split_and!; [reflexivity|etrans; [exact Hv|frame_controller]|done|by left].
    + exists v. split_and!; [done..|]. intros _. right. by apply next_request_flight.
Qed.

(** ** The calls of the controller *)

(** A call that keeps a controller going. *)
Definition goes (w w' : world) : Prop :=
  frame w w' /\ ((wants w' -> waits w') \/ (wants w' -> wants w) /\ (waits w -> waits w')).

Lemma goes_refl w : goes w w.
Proof. split; [done|right; auto]. Qed.

Lemma update_timeout_goes n v w : frame w v -> clock_ok (env_now env) -> is_active v = true -> 0 <= n <= max_wait ->
  exists w', update_timeout env n v = Ok w' /\ goes w w'.
Proof.
  intros Hf Hc Ha Hn. destruct (update_timeout_ok n v Hc Ha Hn) as (time & [_ Htime] & ->). eexists. split; [reflexivity|].
  split; [etrans; [exact Hf|frame_controller]|left]. intros _. by left.
Qed.

Lemma frame_close w : frame w (close w).
Proof. unfold close, set_timeout, set_c_flags. etrans; frame_controller. Qed.

Lemma on_the_way_frame w w' t : frame w w' -> on_the_way w t -> on_the_way w' t.
Proof.
  intros Hf [Hb|(p & ev & Hin & Ha)]; [left; by erewrite (frame_busy w w')|right]. destruct (Hf) as [_ _ _ (l & R & _) _].
  exists p, ev. rewrite R. split; [apply elem_of_app; by left|done].
Qed.

Lemma start_loop_ok l : forall found w, world_ok (env_now env) w -> is_active w = true -> l ⊆ w_trackers w ->
  exists w', start_loop env l found w = Ok w' /\ frame w w' /\
    (found = false -> existsb (is_usable env w) l = true -> flight w').
Proof.
  induction l as [|t l IH]; intros found w Hw Ha Hl; cbn [start_loop existsb]; [by exists w|].
  assert (Ht : t ∈ w_trackers w) by (apply Hl; left). assert (Hl' : l ⊆ w_trackers w) by (intros x Hx; apply Hl; by right).
  destruct (is_usable env w t) eqn:Eu; cbn [negb orb]; [|by apply IH].
  destruct found.
  - destruct (update_timeout_goes 3 (set_c_flags (add_flag flag_promiscuous_mode (c_flags w)) w) w) as (w' & E & Hf & _).
    + frame_controller.
    + apply (wo_clock _ _ Hw).
    + flag_simpl. exact Ha.
    + unfold max_wait. lia.
    + exists w'. split_and!; done.
  - destruct (send_event_ok w t EVENT_STARTED (wo_list _ _ Hw) Ht ltac:(done)) as (w1 & -> & E1 & E2 & E3 & E4). cbn [mbind res_bind].
    destruct (IH true w1) as (w' & E & Hf & _); [by apply (frame_ok _ w)|unfold is_active; by rewrite E2|by rewrite (fr_trackers _ _ _ E1)|].
    exists w'. split_and!; [done|by etrans|]. intros _ _. exists t. assert (Hf2 : frame w w') by by etrans.
    rewrite (fr_trackers _ _ _ Hf2). split; [done|]. apply (on_the_way_frame w1); [done|]. apply E4; [done|]. by intros [_ ?].
Qed.

Lemma send_start_event_goes w : world_ok (env_now env) w -> exists w', send_start_event env w = Ok w' /\ goes w w'.
Proof.
  intros Hw. unfold send_start_event. set (v := set_c_flags _ w). assert (Hv : frame w v) by frame_controller.
  destruct (negb (is_active v) || negb (has_usable env v)) eqn:E.
  { exists v. split; [done|]. split; [done|left]. intros (H1 & H2 & _). by rewrite H1, H2 in E. }
  apply orb_false_iff in E as [Ea Eu]. apply negb_false_iff in Ea, Eu. assert (Hc : frame w (close v)) by (etrans; [exact Hv|apply frame_close]).
  destruct (start_loop_ok (w_trackers v) false (close v)) as (w' & E1 & E2 & E3).
  - by apply (frame_ok _ w).
  - revert Ea. flag_simpl. done.
  - done.
  - exists w'. split; [done|]. split; [by etrans|left]. intros _. right. apply E3; [done|]. exact Eu.
Qed.

Lemma send_in_use_ok event l : forall w, world_ok (env_now env) w -> event <> EVENT_SCRAPE -> l ⊆ w_trackers w ->
  exists w', send_in_use env event l w = Ok w' /\ frame w w' /\ c_flags w' = c_flags w /\
    (event <> EVENT_STOPPED -> existsb (fun t => is_in_use (state w t) && is_usable env w t) l = true -> flight w').
Proof.
  induction l as [|t l IH]; intros w Hw He Hl; cbn [send_in_use existsb]; [by exists w|].
  assert (Ht : t ∈ w_trackers w) by (apply Hl; left). assert (Hl' : l ⊆ w_trackers w) by (intros x Hx; apply Hl; by right).
  destruct (is_in_use (state w t)) eqn:Eu; cbn [negb orb andb]; [|by apply IH].
  destruct (send_event_ok w t event (wo_list _ _ Hw) Ht He) as (w1 & -> & E1 & E2 & E3 & E4). cbn [mbind res_bind].
  destruct (IH w1) as (w' & E & Hf & Hfl & Hi); [by apply (frame_ok _ w)|done|by rewrite (fr_trackers _ _ _ E1)|].
  assert (Hf2 : frame w w') by by etrans. exists w'. split_and!; [done|done|congruence|]. intros Hs [Hu|Hx]%orb_true_iff.
  - exists t. rewrite (fr_trackers _ _ _ Hf2). split; [done|]. apply (on_the_way_frame w1); [done|]. apply E4; [done|]. by intros [_ ?].
  - apply Hi; [done|]. rewrite <- Hx. clear -E1. induction l as [|u l IH]; [done|]. cbn. by erewrite IH, (frame_usable w w1), (frame_state w w1).
Qed.

Lemma send_stop_event_goes w : world_ok (env_now env) w -> exists w', send_stop_event env w = Ok w' /\ goes w w'.
Proof.
  intros Hw. unfold send_stop_event. set (v := set_c_flags _ w). assert (Hv : frame w v) by frame_controller.
  destruct (negb (is_active v) || negb (has_usable env v)) eqn:E.
  { exists v. split; [done|]. split; [done|left]. intros (H1 & H2 & _). by rewrite H1, H2 in E. }
  set (u := close (set_c_flags (add_flag flag_send_stop (c_flags v)) v)).
  assert (Hu : frame w u) by (etrans; [exact Hv|]; etrans; [frame_controller|apply frame_close]).
  destruct (send_in_use_ok EVENT_STOPPED (w_trackers u) u) as (w' & -> & E1 & E2 & _); [by apply (frame_ok _ w)|done|done|].
  exists w'. split; [done|]. split; [by etrans|left]. intros (_ & _ & Hs). exfalso. rewrite E2 in Hs. revert Hs. unfold u. flag_simpl.
  by rewrite orb_true_r.
Qed.

(** Some tracker that answered before can be told of the completion. *)
Definition can_complete (w : world) : bool := existsb (fun t => is_in_use (state w t) && is_usable env w t) (w_trackers w).

Lemma send_completed_event_goes w : world_ok (env_now env) w ->
  (is_active w && has_usable env w = true -> can_complete w = true) ->
  exists w', send_completed_event env w = Ok w' /\ goes w w'.
Proof.
  intros Hw Hcan. unfold send_completed_event. set (v := set_c_flags _ w). assert (Hv : frame w v) by frame_controller.
  destruct (negb (is_active v) || negb (has_usable env v)) eqn:E.
  { exists v. split; [done|]. split; [done|left]. intros (H1 & H2 & _). by rewrite H1, H2 in E. }
  apply orb_false_iff in E as [Ea Eu]. apply negb_false_iff in Ea, Eu.
  assert (Hu : frame w (close v)) by (etrans; [exact Hv|apply frame_close]).
  destruct (send_in_use_ok EVENT_COMPLETED (w_trackers (close v)) (close v)) as (w' & -> & E1 & _ & E3); [by apply (frame_ok _ w)|done|done|].
  exists w'. split; [done|]. split; [by etrans|left]. intros _. right. apply E3; [done|]. apply Hcan.
  rewrite (frame_has_usable w v Hv) in Eu. rewrite Eu, andb_true_r. revert Ea. unfold v. flag_simpl. done.
Qed.

Lemma goes_timer w w' : frame w w' -> m_task_timeout w' = m_task_timeout w -> (wants w' -> wants w) -> goes w w'.
Proof.
  intros Hf Ht Hw. split; [done|right]. split; [done|]. intros [H|H]; [left; by rewrite Ht|right; by eapply (frame_flight w)].
Qed.

Lemma wants_frame w w' : frame w w' -> is_active w' = is_active w ->
  has_flag flag_send_stop (c_flags w') = has_flag flag_send_stop (c_flags w) -> wants w' -> wants w.
Proof. intros Hf Ha Hs. unfold wants. by rewrite Ha, Hs, (frame_has_usable w w'). Qed.

Lemma send_update_event_goes w : world_ok (env_now env) w -> exists w', send_update_event env w = Ok w' /\ goes w w'.
Proof.
  intros Hw. unfold send_update_event. destruct (_ || _); [exists w; split; [done|apply goes_refl]|].
  destruct (_ && _); [exists w; split; [done|apply goes_refl]|].
  set (v := if has_flag mask_send (c_flags w) then w else _).
  assert (Hv : frame w v) by (unfold v; destruct (has_flag _ _); [done|frame_controller]).
  assert (Ht : m_task_timeout v = m_task_timeout w) by (unfold v; by destruct (has_flag _ _)).
  assert (Ha : is_active v = is_active w) by (unfold v; destruct (has_flag _ _); [done|by flag_simpl]).
  assert (Hs : has_flag flag_send_stop (c_flags v) = has_flag flag_send_stop (c_flags w)).
  { unfold v; destruct (has_flag mask_send _); [done|by flag_simpl]. }
  pose proof (find_split_app (is_usable env v) (w_trackers v)) as Hsplit.
  destruct (snd (find_split (is_usable env v) (w_trackers v))) as [|t l] eqn:E.
  - exists v. split; [done|]. apply goes_timer; [done|done|by apply wants_frame].
  - assert (Hin : t ∈ w_trackers v) by (rewrite <- Hsplit; apply elem_of_app; right; left).
    destruct (send_event_ok v t EVENT_NONE (wo_list _ _ (frame_ok _ _ _ Hw Hv)) Hin ltac:(done)) as (w' & -> & E1 & E2 & E3 & _).
    exists w'. split; [done|]. assert (Hf : frame w w') by by etrans.
    apply goes_timer; [done|congruence|]. apply wants_frame; [done|unfold is_active in *; by rewrite E2|by rewrite E2].
Qed.

Lemma list_clear_stats_same w : w_trackers (list_clear_stats w) = w_trackers w /\ w_next (list_clear_stats w) = w_next w /\
  w_requests (list_clear_stats w) = w_requests w /\ c_flags (list_clear_stats w) = c_flags w /\ m_task_timeout (list_clear_stats w) = m_task_timeout w.
Proof.
  unfold list_clear_stats. generalize (w_trackers w) at 1 3 4 5 6. intros l. revert w.
  induction l as [|t l IH]; intros w; cbn [foldl]; [done|]. exact (IH (update_state t clear_stats w)).
Qed.

Lemma manual_request_goes b w : world_ok (env_now env) w -> exists w', manual_request env b w = Ok w' /\ goes w w'.
Proof.
  intros Hw. unfold manual_request. destruct (is_scheduled _); cbn [negb]; [by apply send_update_event_goes|].
  eexists. split; [done|apply goes_refl].
Qed.

Lemma disable_goes w : goes w (disable w).
Proof.
  unfold disable. destruct (is_active w); cbn [negb]; [|apply goes_refl].
  split; [etrans; frame_controller|left]. intros (Hact & _). exfalso. revert Hact. flag_simpl. by rewrite andb_false_r.
Qed.

Lemma start_requesting_goes w : world_ok (env_now env) w -> exists w', start_requesting env w = Ok w' /\ goes w w'.
Proof.
  intros Hw. unfold start_requesting. destruct (is_requesting w); [eexists; split; [done|apply goes_refl]|].
  set (v := set_c_flags _ w). destruct (is_active v) eqn:Ea.
  - apply update_timeout_goes; [frame_controller|apply (wo_clock _ _ Hw)|done|unfold max_wait; lia].
  - exists v. split; [done|]. split; [frame_controller|left]. intros (Hact & _). congruence.
Qed.

Lemma stop_requesting_goes w : goes w (stop_requesting w).
Proof.
  unfold stop_requesting. destruct (is_requesting w); cbn [negb]; [|apply goes_refl].
  apply goes_timer; [frame_controller|done|]. apply wants_frame; [frame_controller|by flag_simpl|by flag_simpl].
Qed.

(** ** Changes of the states of trackers *)

Lemma state_update w t f u : state (update_state t f w) u = if decide (t_id u = t_id t) then f (state w t) else state w u.
Proof.
  unfold state, update_state. cbn [set_states w_states]. case_decide as E.
  - rewrite E. by rewrite lookup_insert_eq.
  - by rewrite lookup_insert_ne by done.
Qed.

Lemma state_id w t u : t_id t = t_id u -> state w t = state w u.
Proof. unfold state. by intros ->. Qed.

Lemma update_state_ok now w t f : world_ok now w -> t ∈ w_trackers w ->
  (forall s, state_ok (now ÷ 1000000) s -> state_ok (now ÷ 1000000) (f s)) -> world_ok now (update_state t f w).
Proof.
  intros [Hc [H1 H2 H3] Hs Hr Hti] Ht Hf. constructor; [done|by constructor| |done|done].
  intros u Hu. rewrite state_update. case_decide as E; [|by apply Hs]. by apply Hf, Hs.
Qed.

Lemma state_ok_later now now' s : state_ok now s -> now <= now' -> state_ok now' s.
Proof. intros [? ? ? ? ? ? ? ?] Hn. constructor; [done|done|lia|lia|done..]. Qed.

(** Only the counters, the intervals and the latest event matter. *)
Lemma state_ok_same now s s' : state_ok now s -> m_min_interval s' = m_min_interval s -> m_normal_interval s' = m_normal_interval s ->
  m_counters s' = m_counters s -> m_latest_event s' = m_latest_event s -> state_ok now s'.
Proof. intros [? ? ? ? ? ? ? ?] E1 E2 E3 E4. constructor; rewrite ?E1, ?E2, ?E3, ?E4; done. Qed.

Lemma clear_stats_ok now s : state_ok now s -> state_ok now (clear_stats s).
Proof. intros [? ? ? ? ? ? ? ?]. constructor; cbn; try done; lia. Qed.

Lemma add_success_ok now s : 0 <= now -> state_ok now s -> state_ok now (add_success_request now s).
Proof. intros Hn [? ? ? ? ? ? ? ?]. constructor; cbn; try done; try lia. apply u32_range. Qed.

Lemma add_failed_ok now s : 0 < now -> state_ok now s -> state_ok now (add_failed_request now s).
Proof. intros Hn [? ? ? ? ? ? ? ?]. constructor; cbn; try done; try lia. apply u32_range. Qed.

Lemma set_both_ok now i s : state_ok now s -> state_ok now (set_both i s).
Proof.
  destruct i as [[n m]|]; [|done]. intros [? ? ? ? ? ? ? ?].
  constructor; cbn; try done; unfold min_min_interval, max_min_interval, min_normal_interval, max_normal_interval; lia.
Qed.

Lemma list_clear_stats_ok now w : world_ok now w -> world_ok now (list_clear_stats w).
Proof.
  unfold list_clear_stats. intros Hw. assert (Hl : w_trackers w ⊆ w_trackers w) by done. revert Hw Hl. generalize (w_trackers w) at 1 3.
  intros l. revert w. induction l as [|t l IH]; intros w Hw Hl; cbn [foldl]; [done|]. apply IH.
  - apply update_state_ok; [done|apply Hl; left|by apply clear_stats_ok].
  - intros x Hx. apply Hl. by right.
Qed.

Lemma enable_waits f w : world_ok (env_now env) w -> exists w', enable env f w = Ok w' /\
  (w' = w \/ world_ok (env_now env) w' /\ w_trackers w' = w_trackers w /\ waits w').
Proof.
  intros Hw. unfold enable. destruct (is_active w); [exists w; auto|].
  set (v := set_c_flags _ w). assert (Hv : world_ok (env_now env) v) by (eapply frame_ok; [exact Hw|frame_controller]).
  set (u := if has_flag enable_dont_reset_stats f then v else list_clear_stats v).
  assert (Hu : world_ok (env_now env) u) by (unfold u; destruct (has_flag _ _); [done|by apply list_clear_stats_ok]).
  assert (Hsame : w_trackers u = w_trackers w /\ c_flags u = c_flags v).
  { unfold u. destruct (has_flag _ _); [done|]. by destruct (list_clear_stats_same v) as (? & _ & _ & ? & _). }
  destruct (update_timeout_ok 0 u (wo_clock _ _ Hw)) as (time & [_ Htime] & ->).
  { unfold is_active. rewrite (proj2 Hsame). unfold v. flag_simpl. by rewrite orb_true_r. }
  { unfold max_wait. lia. }
  eexists. split; [reflexivity|right]. split_and!; [eapply frame_ok; [exact Hu|frame_controller]|cbn; apply Hsame|by left].
Qed.

(** What a change must keep for a controller to go on waiting, and what it must
    not add for it to want no more than before. *)
Lemma waits_transfer w w' : m_task_timeout w' = m_task_timeout w -> w_trackers w ⊆ w_trackers w' ->
  (forall t, t ∈ w_trackers w -> busy w t = true -> busy w' t = true) -> w_requests w ⊆ w_requests w' -> waits w -> waits w'.
Proof.
  intros Ht Hl Hb Hr [H|(t & Hin & Hw)]; [left; by rewrite Ht|right]. exists t. split; [by apply Hl|].
  destruct Hw as [H|(p & e & H & Ha)]; [left; by apply Hb|right]. exists p, e. split; [by apply Hr|done].
Qed.

Lemma wants_transfer w w' : c_flags w' = c_flags w ->
  (forall t, t ∈ w_trackers w' -> is_usable env w' t = true -> t ∈ w_trackers w /\ is_usable env w t = true) -> wants w' -> wants w.
Proof.
  intros Hc Hu (H1 & H2 & H3). unfold wants, is_active in *. rewrite Hc in H1, H3. split_and!; [done| |done].
  apply existsb_exists in H2 as (t & Ht & Huse). apply list_elem_of_In in Ht. destruct (Hu t Ht Huse) as [Hin Hus].
  apply existsb_exists. exists t. split; [by apply list_elem_of_In|done].
Qed.

(** A change of states that leaves the flags of the trackers alone. *)
Lemma update_state_flags w t f : (forall s, m_flags (f s) = m_flags s) ->
  (forall u, busy (update_state t f w) u = busy w u) /\ (forall u, is_usable env (update_state t f w) u = is_usable env w u).
Proof.
  intros Hf. assert (Hm : forall u, m_flags (state (update_state t f w) u) = m_flags (state w u)).
  { intros u. rewrite state_update. case_decide as E; [|done]. rewrite Hf. by rewrite (state_id w t u). }
  split; intros u; unfold busy, is_usable, TrackerState.is_requesting, is_starting_request, is_enabled; by rewrite !Hm.
Qed.

Lemma update_state_goes w t f : (forall s, m_flags (f s) = m_flags s) ->
  (wants (update_state t f w) -> wants w) /\ (waits w -> waits (update_state t f w)).
Proof.
  intros Hf. destruct (update_state_flags w t f Hf) as [Hb Hu]. split.
  - apply wants_transfer; [done|]. intros u Hin. rewrite Hu. done.
  - apply waits_transfer; [done|done| |done]. intros u _. by rewrite Hb.
Qed.

Lemma rearranged_goes w l : l ≡ₚ w_trackers w ->
  (wants (set_trackers l w) -> wants w) /\ (waits w -> waits (set_trackers l w)).
Proof.
  intros Hp. split; [apply wants_transfer|apply waits_transfer]; try done.
  - intros t Ht Hu. cbn in Ht. rewrite Hp in Ht. done.
  - intros t Ht. cbn. by rewrite Hp.
Qed.

Lemma rearranged_world_ok now w l : world_ok now w -> l ≡ₚ w_trackers w -> list_ok (set_trackers l w) -> world_ok now (set_trackers l w).
Proof.
  intros [Hc _ Hs Hr Hti] Hp Hl. constructor; [done|done| | |done].
  - intros t Ht. cbn in Ht. rewrite Hp in Ht. by apply Hs.
  - intros r Hin. destruct (Hr r Hin) as (t & p & e & -> & Ht & He). exists t, p, e. split_and!; [done| |done]. cbn. by rewrite Hp.
Qed.

(** ** What the timer and the replies leave alone *)

Definition stopped (r : request) : Prop := match r with send_event_request _ _ EVENT_STOPPED => True | _ => False end.

(** The controller goes on as it is, and tells no tracker to stop. *)
Record calm (w w' : world) : Prop := {
  ca_active : is_active w' = is_active w;
  ca_stop : has_flag flag_send_stop (c_flags w) = false -> has_flag flag_send_stop (c_flags w') = false;
  ca_requests : has_flag flag_send_stop (c_flags w) = false -> forall r, r ∈ w_requests w' -> stopped r -> r ∈ w_requests w;
}.

#[export] Instance calm_refl : Reflexive calm.
Proof. by constructor. Qed.

Lemma calm_timer f e c w : has_flag flag_active f = has_flag flag_active (c_flags w) ->
  (has_flag flag_send_stop (c_flags w) = false -> has_flag flag_send_stop f = false) -> calm w (set_controller f e c w).
Proof. intros Ha Hs. by constructor. Qed.

Lemma update_timeout_same n w w' : update_timeout env n w = Ok w' -> exists e, w' = set_timeout e w.
Proof.
  unfold update_timeout. destruct (throw_when _ _) as [[]| |]; [|done..]. cbn [mbind res_bind].
  destruct (if n =? 0 then _ else _) as [x| |]; [|done..]. intros [= <-]. by eexists.
Qed.

(** Only requests of the event are queued. *)
Definition queues (event : event_enum) (w w' : world) : Prop :=
  c_flags w' = c_flags w /\ forall r, r ∈ w_requests w' -> r ∈ w_requests w \/ exists id p, r = send_event_request id p event.

#[export] Instance queues_trans event : Transitive (queues event).
Proof. intros a b c [F1 R1] [F2 R2]. split; [congruence|]. intros r Hr. apply R2 in Hr as [Hr|?]; [by apply R1|by right]. Qed.

Lemma send_event_queues_only ot event w w' : send_event env ot event w = Ok w' -> queues event w w'.
Proof.
  destruct ot as [t|]; [|done]. cbn [send_event]. destruct (throw_when _ _) as [[]| |]; [|done..]. cbn [mbind res_bind].
  destruct (negb _ || _); [intros [= <-]; split; auto|]. destruct (busy w t && _); intros [= <-]; (split; [done|]); [auto|].
  intros r [Hr|Hr]%elem_of_app; [by left|right]. apply list_elem_of_singleton in Hr as ->. eauto.
Qed.

Lemma promiscuous_loop_queues event fuel : forall itr next w n w', promiscuous_loop env fuel event itr next w = Ok (n, w') -> queues event w w'.
Proof.
  induction fuel as [|fuel IH]; intros itr next w n w'; cbn [promiscuous_loop]; destruct (w_trackers w !! itr) as [t|];
    [done|intros [= <- <-]; split; auto| |intros [= <- <-]; split; auto].
  destruct (has_active_not_scrape_in_group _ _); [apply IH|]. destruct (ub_when _) as [[]| |]; [|done..]. cbn [mbind res_bind].
  destruct (group_preferred _ _ _ _ _) as [[p n1]| |]; [|done..]. cbn [mbind res_bind].
  destruct p as [p|]; [|apply IH]. destruct (send_event env (Some p) event w) as [w1| |] eqn:E; [|done..]. cbn [mbind res_bind].
  intros E2. etrans; [by eapply send_event_queues_only|by eapply IH].
Qed.

Lemma do_timeout_queues w w' : do_timeout env w = Ok w' -> queues (current_send_event w) w w'.
Proof.
  assert (Hq : forall ev u e, queues ev u (set_timeout e u)) by (intros; split; auto).
  assert (Hu : forall ev n u u', update_timeout env n u = Ok u' -> queues ev u u') by (intros ev n u u' (e & ->)%update_timeout_same; apply Hq).
  unfold do_timeout. set (v := set_timeout _ w). change (current_send_event v) with (current_send_event w). intros E.
  etrans; [apply (Hq _ w (SchedulerEntry.erase (m_task_timeout w)))|]. fold v. revert E. destruct (_ || _); [intros [= <-]; split; auto|].
  destruct (is_promiscuous_mode v || is_requesting v).
  - destruct (promiscuous_loop _ _ _ _ _ _) as [[n u]| |] eqn:El; [|done..]. cbn [mbind res_bind]. apply promiscuous_loop_queues in El.
    destruct (negb _); [|by intros [= <-]]. intros E. etrans; [exact El|by eapply Hu].
  - destruct (find_next_to_request env 0 v) as [t|]; [|intros [= <-]; split; auto].
    destruct (_ <=? _); [apply send_event_queues_only|apply Hu].
Qed.

Lemma do_timeout_calm w w' : do_timeout env w = Ok w' -> calm w w'.
Proof.
  intros [Hf Hr]%do_timeout_queues. constructor; [unfold is_active; by rewrite Hf|by rewrite Hf|].
  intros Hs r Hin Hst. apply Hr in Hin as [?|(id & p & ->)]; [done|]. exfalso. apply (send_event_not_stopped w Hs).
  cbn in Hst. by destruct (current_send_event w).
Qed.

(** ** Replies *)

Lemma tracker_enabled_goes w t : world_ok (env_now env) w ->
  exists w', receive_tracker_enabled env t w = Ok w' /\ frame w w' /\ (wants w' -> waits w') /\ calm w w'.
Proof.
  intros Hw. unfold receive_tracker_enabled. destruct (has_usable env w) eqn:Eu; cbn [negb].
  2: { exists w. split_and!; [done|done| |done]. intros (_ & H & _). congruence. }
  destruct (is_active w) eqn:Ea; cbn [andb]; [|exists w; split_and!; [done|done| |done]; intros (H & _); congruence].
  destruct (is_scheduled (m_task_timeout w)) eqn:Es; cbn [andb negb]; [exists w; split_and!; [done|done|by left|done]|].
  destruct (has_active w) eqn:Eh; cbn [negb].
  - exists w. split_and!; [done|done| |done]. intros _. right. by apply (has_active_flight w (w_trackers w)).
  - destruct (update_timeout_ok 0 w (wo_clock _ _ Hw) Ea) as (time & [_ Htime] & ->); [unfold max_wait; lia|].
    eexists. split_and!; [done|frame_controller|by left|by apply calm_timer].
Qed.

Lemma tracker_disabled_goes w t : world_ok (env_now env) w ->
  exists w', receive_tracker_disabled env t w = Ok w' /\ frame w w' /\ (wants w' -> waits w') /\ calm w w'.
Proof.
  intros Hw. unfold receive_tracker_disabled.
  destruct (is_active w) eqn:Ea; cbn [andb]; [|exists w; split_and!; [done|done| |done]; intros (H & _); congruence].
  destruct (is_scheduled (m_task_timeout w)) eqn:Es; cbn [andb negb]; [exists w; split_and!; [done|done|by left|done]|].
  destruct (update_timeout_ok 0 w (wo_clock _ _ Hw) Ea) as (time & [_ Htime] & ->); [unfold max_wait; lia|].
  eexists. split_and!; [done|frame_controller|by left|by apply calm_timer].
Qed.

Lemma call_download_frame c w : frame w (call_download c w).
Proof. constructor; [done..| |done]. exists []. rewrite app_nil_r. split; [done|constructor]. Qed.

Lemma call_download_goes c w : (wants w -> waits w) -> wants (call_download c w) -> waits (call_download c w).
Proof. done. Qed.

Lemma call_download_calm c w w' : calm w w' -> calm w (call_download c w').
Proof. by intros [? ? ?]. Qed.

Lemma controller_success_goes w t l : world_ok (env_now env) w -> t ∈ w_trackers w ->
  exists w' n, controller_success env t l w = Ok (w', n) /\ frame w w' /\ (wants w' -> waits w') /\ calm w w'.
Proof.
  intros Hw Ht. unfold controller_success. pose proof (wo_clock _ _ Hw) as Hc. destruct (is_active w) eqn:Ea; cbn [negb].
  2: { eexists _, _. split_and!; [reflexivity|apply call_download_frame| |by apply call_download_calm].
       intros (H & _). unfold is_active in *. cbn in H. congruence. }
  set (f := remove_flag _ _). set (v := set_c_flags f w). assert (Hv : frame w v) by frame_controller.
  assert (Hva : is_active v = true) by (unfold v, f; flag_simpl; exact Ea).
  assert (Hcalm : forall e, calm w (set_timeout e v)).
  { intros e. change (set_timeout e v) with (set_controller f e (m_task_scrape w) w). apply calm_timer; [|intros Hs]; unfold f;
      rewrite ?active_remove, ?stop_remove; eval_testbit; [by rewrite andb_true_r|by rewrite Hs]. }
  assert (exists w1, (if is_requesting v then update_timeout env 30 v
    else if negb (has_active v) then update_timeout env (u32 (m_normal_interval (state v t))) v else Ok v) = Ok w1 /\
    frame w w1 /\ waits w1 /\ calm w w1) as (w1 & -> & H1 & H2 & H3).
  { destruct (is_requesting v).
    - destruct (update_timeout_ok 30 v Hc Hva) as (time & [_ Htime] & ->); [unfold max_wait; lia|].
      eexists. split_and!; [done|etrans; [exact Hv|frame_controller]|by left|apply Hcalm].
    - destruct (has_active v) eqn:Eh; cbn [negb].
      + exists v. split_and!; [done|done| |by apply (Hcalm (m_task_timeout w))]. right. by apply (has_active_flight v (w_trackers v)).
      + destruct (wo_states _ _ Hw t Ht) as [_ Hn _ _ _ _ _ _]. unfold min_normal_interval, max_normal_interval in Hn.
        rewrite (frame_state w v t Hv).
        destruct (update_timeout_ok (u32 (m_normal_interval (state w t))) v Hc Hva) as (time & [_ Htime] & ->).
        { rewrite u32_small by lia. unfold max_wait. lia. }
        eexists. split_and!; [done|etrans; [exact Hv|frame_controller]|by left|apply Hcalm]. }
  cbn [mbind res_bind]. eexists _, _. split_and!; [reflexivity|etrans; [exact H1|apply call_download_frame]|done|by apply call_download_calm].
Qed.

Lemma controller_failure_goes w t msg : world_ok (env_now env) w ->
  exists w', controller_failure env t msg w = Ok w' /\ frame w w' /\ (wants w' -> waits w') /\ calm w w'.
Proof.
  intros Hw. unfold controller_failure. destruct (is_active w) eqn:Ea; cbn [negb].
  2: { eexists. split_and!; [reflexivity|apply call_download_frame| |by apply call_download_calm].
       intros (H & _). unfold is_active in *. cbn in H. congruence. }
  set (f := add_flag _ _). set (v := set_c_flags f w). assert (Hv : frame w v) by frame_controller.
  destruct (do_timeout_ok v (frame_ok _ _ _ Hw Hv)) as (w1 & E & H1 & _ & H2). pose proof (do_timeout_calm v w1 E) as [C1 C2 C3].
  rewrite E. cbn [mbind res_bind]. eexists. split_and!; [reflexivity|etrans; [exact Hv|]; etrans; [exact H1|apply call_download_frame]|done|].
  assert (Hs : has_flag flag_send_stop (c_flags v) = has_flag flag_send_stop (c_flags w)) by (unfold v, f; by flag_simpl).
  rewrite Hs in C2, C3. apply call_download_calm. constructor; [rewrite C1; unfold v, f; by flag_simpl|done|done].
Qed.
End calls.
End TrackerController.
