(* ===== verification/TrackerProgress.v ===== *)
(** * The controller of a torrent never falls silent

    The system of Module [TrackerController] (the calls of the main thread, the
    timer, the tracker thread that takes requests, the replies of the workers)
    as a step relation, with the steps that disturb the controller: scrapes,
    cancelled requests, DHT workers that are told to stop, and completions
    before a tracker has answered.  The theorems show that every other step
    returns, that without a disturbance a running torrent with a usable tracker
    always waits for a timer, a request or a reply, and that it then really asks
    a tracker within a bounded time; the examples show that each disturbance
    can make it fall silent. *)

From S2P Require Import Prelude Scheduler Object Bencode ProtocolBase SocketAddress Utils Tracker TrackerController.
Import SchedulerEntry TrackerState SocketAddress AddressList TrackerList TrackerController.

Module TrackerProgress.
Section system.
Context `{ByteOrder}.
Context (base : environment).

Definition known (w : world) (id : nat) : Prop := exists t, t ∈ w_trackers w /\ t_id t = id.

(** The replies of trackers of the list that do not scrape. *)
Definition reply_ok (w : world) (r : reply) : Prop :=
  match r with
  | reply_success id l => known w id /\ Forall is_inet l
  | reply_failed id _ | reply_enabled id | reply_disabled id => known w id
  | reply_scrape _ _ => False
  | reply_new_peers l => Forall is_inet l
  end.

(** The replies that make the controller act. *)
Definition awaited (r : reply) : Prop := match r with reply_new_peers _ => False | _ => True end.

Record system_ok (s : system) : Prop := {
  sy_world : world_ok (s_now s) (s_world s);
  sy_replies : Forall (reply_ok (s_world s)) (s_replies s);
  sy_alive : wants base (s_world s) -> waits (s_world s) \/ Exists awaited (s_replies s);
}.

(** What the proofs assume of a step: it is possible and disturbs nothing, as is
    said below. *)
Definition call_allowed (c : controller_call) (w : world) : Prop :=
  match c with
  | call_completed => is_active w && has_usable base w = true -> can_complete base w = true
  | call_scrape _ | call_cancel => False
  | call_insert group url extra =>
      0 <= group < 2 ^ 32 - 1 /\ (url_type base url = TRACKER_NONE -> extra = false) /\ (url_type base url = TRACKER_UDP -> m_key w <> 0)
  | call_enable_tracker t | call_disable_tracker t => t ∈ w_trackers w
  | call_cycle group => 0 <= group < 2 ^ 32 - 1
  | _ => True
  end.

Definition allowed (x : step) (s : system) : Prop :=
  match x with
  | step_time now => s_now s <= now /\ clock_ok now
  | step_call c => call_allowed c (s_world s)
  | step_timer => is_timeout_queued (s_world s) = true
  | step_scrape_timer => False
  | step_request _ =>
    match w_requests (s_world s) with
    | send_event_request id _ EVENT_STOPPED :: _ => forall t, t ∈ w_trackers (s_world s) -> t_id t = id -> is_dht t = false
    | _ => True
    end
  | step_done t _ result =>
    t ∈ w_trackers (s_world s) /\ busy (s_world s) t = true /\ (forall l, result = inl l -> Forall is_inet l)
  | step_new_peers l => Forall is_inet l
  | step_reply => True
  end.

Lemma find_id_known w id : known w id -> exists t, find_id id w = Some t /\ t ∈ w_trackers w /\ t_id t = id.
Proof.
  intros (t & Ht & Hid). unfold find_id. destruct (list_find (fun t => t_id t = id) (w_trackers w)) as [[i u]|] eqn:E.
  - apply list_find_Some in E as (Hi & Hu & _). exists u. split_and!; [done|by eapply list_elem_of_lookup_2|done].
  - exfalso. apply list_find_None in E. rewrite Forall_forall in E. by apply (E t Ht).
Qed.

Lemma reply_ok_mono w w' r : w_trackers w ⊆ w_trackers w' -> reply_ok w r -> reply_ok w' r.
Proof.
  intros Hl. assert (Hk : forall id, known w id -> known w' id) by (intros id (t & Ht & Hid); exists t; auto).
  destruct r; cbn; [intros [? ?]; split; auto|auto..].
Qed.

Lemma replies_ok_mono w w' l : w_trackers w ⊆ w_trackers w' -> Forall (reply_ok w) l -> Forall (reply_ok w') l.
Proof. intros Hl Hr. eapply Forall_impl; [exact Hr|]. intros r. by apply reply_ok_mono. Qed.

(** A call that keeps the controller going keeps the system going. *)
Lemma system_goes s w' : system_ok s -> goes (env_at base (s_now s)) (s_world s) w' -> system_ok (System w' (s_replies s) (s_now s)).
Proof.
  intros [Hw Hr Ha] [Hf Hg]. constructor; cbn [s_world s_replies s_now].
  - by apply (frame_ok _ (s_world s)).
  - apply (replies_ok_mono (s_world s)); [|done]. by rewrite (fr_trackers _ _ _ Hf).
  - destruct Hg as [Hg|[Hg1 Hg2]]; [intros Hwants; left; by apply Hg|]. intros Hwants. destruct (Ha (Hg1 Hwants)) as [?|?]; [left; auto|by right].
Qed.

(** A call after which the controller waits, whatever it did before. *)
Lemma system_waits w' l now : world_ok now w' -> Forall (reply_ok w') l -> (wants base w' -> waits w') -> system_ok (System w' l now).
Proof. intros Hw Hr Hg. constructor; [done|done|]. intros Hwants. left. auto. Qed.

(** A world with a worker that was just made. *)
Definition made (flags : Z) (w : world) : world :=
  World (w_trackers w) (<[w_next w := new_state flags]> (w_states w)) (S (w_next w)) (m_key w) (m_numwant w) (c_flags w)
    (m_task_timeout w) (m_task_scrape w) (w_requests w) (w_calls w).

Lemma new_state_ok now flags : 0 <= now -> state_ok now (new_state flags).
Proof.
  intros Hn. constructor; cbn; unfold min_min_interval, max_min_interval, min_normal_interval, max_normal_interval; try lia; done.
Qed.

Lemma insert_made_ok now flags type url group w : world_ok now w -> 0 <= group < 2 ^ 32 - 1 ->
  exists w', insert (receive_tracker_enabled (env_at base now)) (Tracker (w_next w) type url group) (made flags w) = Ok w' /\
    world_ok now w' /\ w_trackers w ⊆ w_trackers w' /\ (wants base w' -> waits w').
Proof.
  intros Hw Hg. set (t0 := Tracker _ _ _ _). set (v := made flags w).
  assert (Hv : list_ok v).
  { destruct (wo_list _ _ Hw) as [H1 H2 H3]. constructor; [done|done|]. intros t Ht. destruct (H3 t Ht). cbn. split; [lia|done]. }
  assert (Hnew : t_id t0 ∉ t_id <$> w_trackers v).
  { intros (t & Hid & Ht)%list_elem_of_fmap. destruct (list_known _ (wo_list _ _ Hw) t Ht) as [Hlt _]. cbn in Hid. lia. }
  destruct (inserted_ok v t0 Hv Hg ltac:(cbn; lia) Hnew) as (Hok & Hp & _ & _).
  unfold insert. set (l := take _ _ ++ t0 :: _) in *.
  assert (Hl : world_ok now (set_trackers l v)).
  { constructor; [apply (wo_clock _ _ Hw)|done| | |apply (wo_timer _ _ Hw)].
    - intros t Ht. cbn [set_trackers w_trackers] in Ht. rewrite Hp in Ht. unfold state. cbn [set_trackers w_states v made].
      apply elem_of_cons in Ht as [->|Ht].
      + cbn [t_id t0]. rewrite lookup_insert_eq. apply new_state_ok.
        pose proof (cached_nonneg (env_at base now) (wo_clock _ _ Hw)) as Hc. unfold cached_seconds in Hc. cbn in Hc. lia.
      + destruct (list_known _ (wo_list _ _ Hw) t Ht) as [Hlt _]. rewrite lookup_insert_ne by lia. by apply (wo_states _ _ Hw).
    - intros r Hr. destruct (wo_requests _ _ Hw r Hr) as (t & p & e & -> & Ht & He). exists t, p, e. split_and!; [done| |done].
      cbn [set_trackers w_trackers]. rewrite Hp. by right. }
  destruct (tracker_enabled_goes (env_at base now) (set_trackers l v) t0 Hl) as (w' & -> & Hf & Hwt & _).
  exists w'. split_and!; [done|by apply (frame_ok _ (set_trackers l v))| |exact Hwt].
  rewrite (fr_trackers _ _ _ Hf). cbn [set_trackers w_trackers]. intros t Ht. rewrite Hp. by right.
Qed.

Lemma insert_url_ok now group url extra w : world_ok now w -> call_allowed (call_insert group url extra) w ->
  exists w', insert_url (env_at base now) (receive_tracker_enabled (env_at base now)) group url extra w = Ok w' /\
    world_ok now w' /\ w_trackers w ⊆ w_trackers w' /\ (w' = w \/ (wants base w' -> waits w')).
Proof.
  intros Hw (Hg & Hnone & Hudp). unfold insert_url. change (url_type (env_at base now) url) with (url_type base url).
  assert (Hins : forall type flags, exists w', insert (receive_tracker_enabled (env_at base now)) (Tracker (w_next w) type url group) (made flags w) = Ok w' /\
    world_ok now w' /\ w_trackers w ⊆ w_trackers w' /\ (w' = w \/ (wants base w' -> waits w'))).
  { intros type flags. destruct (insert_made_ok now flags type url group w Hw Hg) as (w' & ? & ? & ? & ?). exists w'. auto. }
  destruct (url_type base url) eqn:Eu.
  - rewrite Hnone by done. exists w. split_and!; [done|done|done|by left].
  - apply Hins.
  - rewrite (proj2 (Z.eqb_neq (m_key w) 0)) by auto. rewrite andb_false_r. apply Hins.
  - apply Hins.
Qed.

(** ** Steps *)

Lemma update_flags_ok now w t f : world_ok now w -> t ∈ w_trackers w -> world_ok now (update_state t (fun s => set_flags (f (m_flags s)) s) w).
Proof. intros Hw Ht. apply update_state_ok; [done|done|]. intros s Hs. by eapply state_ok_same. Qed.

Lemma awaited_ok w l now r : world_ok now w -> Forall (reply_ok w) l -> reply_ok w r -> awaited r -> system_ok (System w (l ++ [r]) now).
Proof.
  intros Hw Hl Hr Ha. constructor; cbn [s_world s_replies s_now]; [done|apply Forall_app; split; [done|by constructor]|].
  intros _. right. apply Exists_app. right. by constructor.
Qed.

Lemma controller_call_ok c s : system_ok s -> call_allowed c (s_world s) ->
  exists w l, run_controller base (s_now s) c (s_world s) = Ok (w, l) /\ system_ok (System w (s_replies s ++ l) (s_now s)).
Proof.
  intros Hs Hc. destruct (Hs) as [Hw Hr Ha]. set (env := env_at base (s_now s)).
  assert (Hgoes : forall r, (exists w, r = Ok w /\ goes (env_at base (s_now s)) (s_world s) w) ->
    exists w l, (w ← r; Ok (w, [] : list reply)) = Ok (w, l) /\ system_ok (System w (s_replies s ++ l) (s_now s))).
  { intros r (w & -> & Hg). exists w, []. rewrite app_nil_r. split; [done|]. by apply system_goes. }
  destruct c as [| | | |b|n|f| | | | |group url extra|t|t|group|n]; cbn [run_controller] in *; fold env.
  - apply Hgoes. by apply (send_start_event_goes env).
  - apply Hgoes. by apply (send_stop_event_goes env).
  - apply Hgoes. by apply (send_completed_event_goes env).
  - apply Hgoes. by apply (send_update_event_goes env).
  - apply Hgoes. by apply (manual_request_goes env).
  - done.
  - destruct (enable_waits env f (s_world s) Hw) as (w & -> & Hcase). eexists _, []. rewrite app_nil_r. split; [reflexivity|].
    destruct Hcase as [->|(H1 & H2 & H3)]; [by destruct s|]. apply system_waits; [done| |done].
    apply (replies_ok_mono (s_world s)); [by rewrite H2|done].
  - apply Hgoes. eexists. split; [done|apply disable_goes].
  - apply Hgoes. by apply (start_requesting_goes env).
  - apply Hgoes. eexists. split; [done|apply stop_requesting_goes].
  - done.
  - unfold env. destruct (insert_url_ok (s_now s) group url extra (s_world s) Hw Hc) as (w & -> & H1 & H2 & H3). eexists _, []. rewrite app_nil_r.
    split; [reflexivity|]. destruct H3 as [->|H3]; [by destruct s|]. apply system_waits; [done|by apply (replies_ok_mono (s_world s))|done].
  - unfold TrackerList.enable. destruct (is_enabled (state (s_world s) t)).
    { eexists _, []. rewrite app_nil_r. split; [reflexivity|by destruct s]. }
    eexists _, _. split; [reflexivity|]. apply awaited_ok; [|by apply (replies_ok_mono (s_world s))| |done].
    + by apply (update_flags_ok _ _ _ (add_flag flag_enabled)).
    + by exists t.
  - unfold TrackerList.disable. destruct (is_enabled (state (s_world s) t)); cbn [negb].
    2: { eexists _, []. rewrite app_nil_r. split; [reflexivity|by destruct s]. }
    eexists _, _. split; [reflexivity|]. apply awaited_ok; [|by apply (replies_ok_mono (s_world s))| |done].
    + by apply (update_flags_ok _ _ _ (remove_flag flag_enabled)).
    + by exists t.
  - destruct (cycle_group_ok group (s_world s) (wo_list _ _ Hw) Hc) as (l & -> & Hl & Hp). eexists _, []. rewrite app_nil_r.
    split; [reflexivity|]. destruct (rearranged_goes base (s_world s) l Hp) as [G1 G2]. constructor; cbn [s_world s_replies s_now].
    + by apply rearranged_world_ok.
    + apply (replies_ok_mono (s_world s)); [|done]. intros t Ht. cbn. by rewrite Hp.
    + intros Hwants. destruct (Ha (G1 Hwants)); auto.
  - apply Hgoes. eexists. split; [done|]. split; [|right; auto]. constructor; [done..| |done]. exists []. rewrite app_nil_r. split; [done|constructor].
Qed.

Lemma set_requests_ok now w l : world_ok now w -> l ⊆ w_requests w -> world_ok now (set_requests l w).
Proof. intros [Hc [H1 H2 H3] Hs Hr Hti] Hl. constructor; [done|by constructor|done| |done]. intros r Hin. apply Hr. by apply Hl. Qed.

Lemma filter_sub {A} (f : A -> bool) l : List.filter f l ⊆ l.
Proof. intros x Hx. apply list_elem_of_In in Hx. apply filter_In in Hx as [Hx _]. by apply list_elem_of_In. Qed.

Lemma remove_events_ok id s : world_ok (s_now s) (s_world s) -> Forall (reply_ok (s_world s)) (s_replies s) ->
  world_ok (s_now s) (s_world (remove_events id s)) /\ Forall (reply_ok (s_world s)) (s_replies (remove_events id s)).
Proof.
  intros Hw Hr. split; [by apply set_requests_ok; [|apply filter_sub]|].
  rewrite Forall_forall in Hr. apply Forall_forall. intros r Hin. apply Hr. eapply filter_sub, Hin.
Qed.

Lemma busy_requesting w t f : (forall s, TrackerState.is_requesting (f s) = true) -> busy (update_state t f w) t = true.
Proof. intros Hf. unfold busy. rewrite state_update, decide_True by done. by rewrite Hf. Qed.

Lemma requesting_flag s : TrackerState.is_requesting (requesting s) = true.
Proof. unfold TrackerState.is_requesting, requesting. cbn. change TrackerState.flag_requesting with (2 ^ 2). rewrite has_flag_add by done. apply orb_true_r. Qed.

(** A worker takes a request: it is asking, or a failure is on its way. *)
Lemma take_request_ok refused s : system_ok s -> allowed (step_request refused) s -> system_ok (take_request refused s).
Proof.
  intros Hs Hal. destruct (Hs) as [Hw Hr Ha]. unfold take_request. cbn [allowed] in Hal.
  destruct (w_requests (s_world s)) as [|r rest] eqn:Eq; [done|].
  destruct (wo_requests _ _ Hw r) as (t0 & p & event & -> & Ht0 & He); [rewrite Eq; left|].
  set (v := set_requests rest (s_world s)).
  assert (Hv : world_ok (s_now s) v) by (apply set_requests_ok; [done|]; rewrite Eq; intros x Hx; by right).
  destruct (find_id_known v (t_id t0)) as (t & Ef & Ht & Hid); [by exists t0|]. cbn [s_world]. rewrite Ef.
  set (s1 := remove_events (t_id t0) _).
  destruct (remove_events_ok (t_id t0) (System v (s_replies s) (s_now s))) as [H1 H2]; [done|done|]. fold s1 in H1, H2. cbn [s_now s_world] in H1, H2.
  set (w1 := update_state t (set_latest_event event) (mark_starting_request t (s_world s1))).
  assert (Htr : w_trackers w1 = w_trackers (s_world s)) by (unfold w1, mark_starting_request; by destruct (is_dht t)).
  assert (Hw1 : world_ok (s_now s) w1).
  { apply update_state_ok; [|unfold mark_starting_request; by destruct (is_dht t)|].
    - unfold mark_starting_request. destruct (is_dht t); [done|]. by apply (update_flags_ok _ _ _ (add_flag flag_starting_request)).
    - intros x [? ? ? ? ? ? ? ?]. by constructor. }
  assert (Hidle : forall f, world_ok (s_now s) (update_state t (fun x => set_flags (f (m_flags x)) x) w1)).
  { intros f. apply (update_flags_ok _ _ _ f); [done|]. by rewrite Htr. }
  assert (Hreplies : forall w, w_trackers w = w_trackers (s_world s) -> Forall (reply_ok w) (s_replies s1)).
  { intros w E. apply (replies_ok_mono v); [|done]. by rewrite E. }
  destruct refused as [msg|].
  - apply awaited_ok; [exact (Hidle (fun x => remove_flag TrackerState.flag_requesting (remove_flag flag_starting_request x)))|by apply Hreplies| |done]. exists t. split; [|done]. cbn [update_state set_states w_trackers]. by rewrite Htr.
  - assert (Hdht : is_dht t && bool_decide (event = EVENT_STOPPED) = false).
    { case_bool_decide as E; [|apply andb_false_r]. subst event. rewrite (Hal t); [done|done|done]. }
    rewrite Hdht. apply system_waits;
      [exact (Hidle (fun x => add_flag TrackerState.flag_requesting (remove_flag flag_starting_request x)))|by apply Hreplies|]. intros _. right. exists t. split; [cbn [update_state set_states w_trackers]; by rewrite Htr|].
    left. apply busy_requesting, requesting_flag.
Qed.

Lemma finish_ok t intervals result s : system_ok s -> allowed (step_done t intervals result) s -> system_ok (finish t intervals result s).
Proof.
  intros [Hw Hr _] (Ht & _ & Hl). unfold finish. assert (Hsc : is_scraping (s_world s) t = false).
  { apply bool_decide_eq_false_2. apply (so_event _ _ (wo_states _ _ Hw t Ht)). }
  rewrite Hsc. apply awaited_ok; [|by apply (replies_ok_mono (s_world s))| |by destruct result].
  - apply update_state_ok; [done|done|]. intros x Hx. eapply state_ok_same; [by apply set_both_ok|done..].
  - destruct result as [l|msg]; cbn; [split; [by exists t|by apply Hl]|by exists t].
Qed.

Lemma update_then_goes w t f now l : world_ok now w -> t ∈ w_trackers w -> Forall (reply_ok w) l ->
  (forall s, m_flags (f s) = m_flags s) -> (forall s, state_ok (now ÷ 1000000) s -> state_ok (now ÷ 1000000) (f s)) ->
  (wants base w -> waits w) -> system_ok (System (update_state t f w) l now).
Proof.
  intros Hw Ht Hl Hf Hs Hg. destruct (update_state_goes base w t f Hf) as [G1 G2].
  apply system_waits; [by apply update_state_ok|by apply (replies_ok_mono w)|auto].
Qed.

(** A reply changes neither the mode of the controller nor the trackers that
    can be used. *)
Definition steady (w w' : world) : Prop :=
  wants base w -> (forall r, r ∈ w_requests w -> ~ stopped r) -> wants base w' /\ forall r, r ∈ w_requests w' -> ~ stopped r.

Lemma calm_steady now v w w' : (wants base w -> wants base v) -> w_requests v = w_requests w -> frame_at now v w' -> calm v w' -> steady w w'.
Proof.
  intros Hv R Hf [C1 C2 C3] Hwants Hst. destruct (Hv Hwants) as (Ha & Hu & Hs). split.
  - unfold wants. rewrite C1. split_and!; [done| |by apply C2]. unfold has_usable in *.
    rewrite (fr_trackers _ _ _ Hf). apply existsb_exists in Hu as (t & Ht & Hut). apply existsb_exists. exists t. split; [done|].
    unfold is_usable in *. by erewrite (frame_state v w').
  - intros r Hr Hsr. specialize (C3 Hs r Hr Hsr). rewrite R in C3. by apply (Hst r).
Qed.

Lemma steady_update w w' t f : (forall s, m_flags (f s) = m_flags s) -> steady w w' -> steady w (update_state t f w').
Proof.
  intros Hf Hs Hwants Hst. destruct (Hs Hwants Hst) as [(Ha & Hu & Hb) Hr]. split; [|done].
  destruct (update_state_flags base w' t f Hf) as [_ Hus]. split_and!; [done| |done].
  apply existsb_exists in Hu as (u & Hin & Hu). apply existsb_exists. exists u. split; [done|]. by rewrite Hus.
Qed.

Lemma wants_update w t f : (forall s, m_flags (f s) = m_flags s) -> wants base w -> wants base (update_state t f w).
Proof.
  intros Hf (Ha & Hu & Hb). destruct (update_state_flags base w t f Hf) as [_ Hus]. split_and!; [done| |done].
  apply existsb_exists in Hu as (u & Hin & Hu). apply existsb_exists. exists u. split; [done|]. by rewrite Hus.
Qed.

Lemma wants_rearranged w l : l ≡ₚ w_trackers w -> wants base w -> wants base (set_trackers l w).
Proof.
  intros Hp (Ha & Hu & Hb). split_and!; [done| |done]. apply existsb_exists in Hu as (u & Hin & Hu). apply existsb_exists. exists u.
  split; [|done]. apply list_elem_of_In. cbn. rewrite Hp. by apply list_elem_of_In.
Qed.

Lemma receive_success_ok now t l w rest : world_ok now w -> t ∈ w_trackers w -> Forall is_inet l -> Forall (reply_ok w) rest ->
  exists w', receive_success (env_at base now) (controller_success (env_at base now)) t l w = Ok w' /\ system_ok (System w' rest now) /\ steady w w'.
Proof.
  intros Hw Ht Hl Hr. set (env := env_at base now). unfold receive_success.
  destruct (find_Some w t (wo_list _ _ Hw) Ht) as (i & -> & Hi).
  destruct (promote_ok w i t (wo_list _ _ Hw) Hi) as (k & -> & Hk & Hp & _). cbn [mbind res_bind].
  destruct (sort_and_unique_bytes l Hl) as (r & -> & _). cbn [mbind res_bind].
  pose proof (rearranged_world_ok _ _ _ Hw Hp Hk) as Hw1.
  match goal with |- context [update_state t ?g (set_trackers k w)] => set (f := g) end.
  assert (Ht1 : t ∈ w_trackers (set_trackers k w)) by (cbn; by rewrite Hp).
  assert (Hw2 : world_ok now (update_state t f (set_trackers k w))).
  { apply update_state_ok; [done|done|]. intros x Hx. pose proof (cached_nonneg env (wo_clock _ _ Hw)) as Hc.
    eapply state_ok_same; [apply (add_success_ok (cached_seconds env) x); [lia|exact Hx]|done..]. }
  destruct (controller_success_goes env (update_state t f (set_trackers k w)) t r Hw2 Ht1) as (w' & n & -> & Hf & Hg & Hcalm). cbn [mbind res_bind].
  eexists. split_and!; [reflexivity| |].
  2: { apply steady_update; [done|]. eapply (calm_steady _ (update_state t f (set_trackers k w))); [|done|exact Hf|exact Hcalm]. intros Hwants.
       apply wants_update; [done|]. by apply wants_rearranged. }
  apply update_then_goes.
  - by apply (frame_ok _ (update_state t f (set_trackers k w))).
  - by rewrite (fr_trackers _ _ _ Hf).
  - apply (replies_ok_mono w); [|done]. rewrite (fr_trackers _ _ _ Hf). intros u Hu. cbn. by rewrite Hp.
  - done.
  - intros x Hx. by eapply state_ok_same.
  - exact Hg.
Qed.

Lemma receive_failed_ok now t msg w rest : world_ok now w -> t ∈ w_trackers w -> Forall (reply_ok w) rest ->
  exists w', receive_failed (env_at base now) (controller_failure (env_at base now)) t msg w = Ok w' /\ system_ok (System w' rest now) /\ steady w w'.
Proof.
  intros Hw Ht Hr. set (env := env_at base now). unfold receive_failed.
  destruct (find_Some w t (wo_list _ _ Hw) Ht) as (i & -> & _).
  rewrite (bool_decide_eq_true_2 (is_Some (Some i))) by done. cbn [negb throw_when mbind res_bind].
  match goal with |- context [update_state t ?g w] => set (f := g) end.
  assert (Hw1 : world_ok now (update_state t f w)).
  { apply update_state_ok; [done|done|]. intros x Hx. pose proof (cached_nonneg env (wo_clock _ _ Hw)) as Hc.
    eapply state_ok_same; [apply (add_failed_ok (cached_seconds env) x); [lia|exact Hx]|done..]. }
  destruct (controller_failure_goes env (update_state t f w) t msg Hw1) as (w' & -> & Hf & Hg & Hcalm).
  eexists. split_and!; [reflexivity| |].
  2: { eapply (calm_steady _ (update_state t f w)); [|done|exact Hf|exact Hcalm]. by apply wants_update. }
  apply system_waits; [by apply (frame_ok _ (update_state t f w))| |exact Hg].
  apply (replies_ok_mono w); [|done]. by rewrite (fr_trackers _ _ _ Hf).
Qed.

Lemma deliver_ok r rest w now : world_ok now w -> Forall (reply_ok w) (r :: rest) -> (wants base w -> waits w \/ Exists awaited (r :: rest)) ->
  exists w', deliver base r now w = Ok w' /\ system_ok (System w' rest now) /\ steady w w'.
Proof.
  intros Hw [Hr Hrest]%Forall_cons Ha. set (env := env_at base now). destruct r as [id l|id msg|id b|id|id|l]; cbn [deliver reply_ok] in *; fold env.
  - destruct Hr as [Hk Hl]. destruct (find_id_known w id Hk) as (t & -> & Ht & _). by apply receive_success_ok.
  - destruct (find_id_known w id Hr) as (t & -> & Ht & _). by apply receive_failed_ok.
  - done.
  - destruct (find_id_known w id Hr) as (t & -> & _). destruct (tracker_enabled_goes env w t Hw) as (w' & -> & Hf & Hg & Hcalm).
    eexists. split_and!; [reflexivity| |by eapply (calm_steady _ w)]. apply system_waits; [by apply (frame_ok _ w)| |exact Hg].
    apply (replies_ok_mono w); [|done]. by rewrite (fr_trackers _ _ _ Hf).
  - destruct (find_id_known w id Hr) as (t & -> & _). destruct (tracker_disabled_goes env w t Hw) as (w' & -> & Hf & Hg & Hcalm).
    eexists. split_and!; [reflexivity| |by eapply (calm_steady _ w)]. apply system_waits; [by apply (frame_ok _ w)| |exact Hg].
    apply (replies_ok_mono w); [|done]. by rewrite (fr_trackers _ _ _ Hf).
  - unfold receive_new_peers. destruct (sort_and_unique_bytes l Hr) as (k & -> & _). cbn [mbind res_bind].
    eexists. split_and!; [reflexivity| |done]. constructor; cbn [s_world s_replies s_now].
    + apply (frame_ok _ w); [done|apply (call_download_frame env)].
    + done.
    + intros Hwants. destruct (Ha Hwants) as [?|He]; [by left|right]. apply Exists_cons in He as [[]|He]. done.
Qed.

Lemma world_ok_later now now' w : world_ok now w -> now <= now' -> clock_ok now' -> world_ok now' w.
Proof.
  intros [H1 H2 H3 H4 H5] Hle Hc. constructor; [done|done| |done|].
  - intros t Ht. eapply state_ok_later; [by apply H3|]. apply Z.quot_le_mono; lia.
  - intros time E. specialize (H5 time E). lia.
Qed.

Lemma step_ok x s : system_ok s -> allowed x s -> exists s', run_step base x s = Ok s' /\ system_ok s'.
Proof.
  intros Hs Hx. destruct (Hs) as [Hw Hr Ha]. destruct x as [now|c| | |refused|t i result|l|]; cbn [run_step].
  - destruct Hx as [Hle Hc]. eexists. split; [reflexivity|]. constructor; [by apply (world_ok_later (s_now s))|done|done].
  - destruct (controller_call_ok c s Hs Hx) as (w & l & -> & Hok). by eexists.
  - set (v := set_timeout None (s_world s)).
    assert (Hv : world_ok (s_now s) v) by (eapply frame_ok; [exact Hw|frame_controller]).
    destruct (do_timeout_ok (env_at base (s_now s)) v Hv) as (w & -> & Hf & _ & Hg). eexists. split; [reflexivity|].
    apply system_waits; [by apply (frame_ok _ v)| |exact Hg]. apply (replies_ok_mono (s_world s)); [|done]. by rewrite (fr_trackers _ _ _ Hf).
  - done.
  - eexists. split; [reflexivity|]. by apply take_request_ok.
  - eexists. split; [reflexivity|]. by apply finish_ok.
  - eexists. split; [reflexivity|]. constructor; [done|apply Forall_app; split; [done|by constructor]|].
    intros Hwants. destruct (Ha Hwants) as [?|?]; [by left|right]. cbn. apply Exists_app. by left.
  - destruct (s_replies s) as [|r rest] eqn:Er; [by eexists|].
    destruct (deliver_ok r rest (s_world s) (s_now s)) as (w & -> & Hok & _); [done..|]. by eexists.
Qed.

(** ** The timer asks a tracker, at the latest the second time *)

Definition quiet (w : world) : Prop := forall t, t ∈ w_trackers w -> busy w t = false.

Lemma send_event_queues env w t event : list_ok w -> t ∈ w_trackers w -> is_usable env w t = true -> busy w t = false -> event <> EVENT_SCRAPE ->
  exists r, send_event env (Some t) event w = Ok (queue_request r w).
Proof.
  intros Hw Ht Hu Hb He. destruct (find_Some w t Hw Ht) as (i & Hi & _). unfold send_event. rewrite Hi.
  rewrite (bool_decide_eq_true_2 (is_Some (Some i))) by done. cbn [negb throw_when mbind res_bind].
  rewrite (bool_decide_eq_false_2 (event = EVENT_SCRAPE)) by done. rewrite Hu, Hb. by eexists.
Qed.

Lemma queued_more now w w' r : frame_at now (queue_request r w) w' -> w_requests w' <> w_requests w.
Proof.
  intros [_ _ _ (l & E & _) _]. cbn in E. intros E2. rewrite E2 in E. apply (f_equal length) in E. rewrite !length_app in E. cbn in E. lia.
Qed.

Lemma cached_later now now2 n : clock_ok now -> 0 <= n -> now + seconds n <= now2 -> now ÷ 1000000 + n <= now2 ÷ 1000000.
Proof.
  unfold clock_ok, days, seconds. intros Hc Hn Hle. rewrite !Z.quot_div_nonneg by lia.
  rewrite <- (Z.div_add now n 1000000) by lia. apply Z.div_le_mono; lia.
Qed.

(** A tracker whose timeout has passed can be asked. *)
Lemma promiscuous_due now now2 w t n : clock_ok now -> state_ok (now ÷ 1000000) (state w t) ->
  tracker_next_timeout_promiscuous (env_at base now) w t = Ok n -> n <= max_normal_interval ->
  now + seconds n <= now2 -> tracker_next_timeout_promiscuous (env_at base now2) w t = Ok 0.
Proof.
  intros Hc Hs. pose proof (cached_nonneg (env_at base now) Hc) as Hnow. unfold cached_seconds in Hnow. cbn [env_at env_now] in Hnow.
  unfold tracker_next_timeout_promiscuous. change (is_usable (env_at base now2) w t) with (is_usable (env_at base now) w t).
  destruct (_ || _); [intros [= <-]; unfold no_timeout, max_normal_interval; lia|]. intros E Hn Hle.
  destruct (if negb _ then _ else _) as [interval| |] eqn:Ei; [|done..]. cbn [mbind res_bind] in *. injection E as E. f_equal.
  pose proof (time_last_bound (env_at base now) (state w t) Hc Hs) as Hlast. unfold no_timeout in Hlast.
  unfold cached_seconds in *. cbn [env_at env_now] in *.
  assert (Hsec : now ÷ 1000000 + n <= now2 ÷ 1000000) by (apply cached_later; [done|rewrite <- E; apply u32_range|done]).
  set (use := Z.min interval (Z.max (m_min_interval (state w t)) 300)) in *.
  assert (Huse : 0 <= use < 2 ^ 31).
  { destruct (Hs) as [H1 H2 H3 H4 H5 H6 H7 H8]. unfold use, min_min_interval, max_min_interval, min_normal_interval, max_normal_interval in *.
    destruct (failed_counter (m_counters (state w t)) =? 0) eqn:Ef; cbn [negb] in Ei; bool_prop.
    - injection Ei as <-. lia.
    - rewrite (proj2 (Z.eqb_neq _ _)) in Ei by auto. injection Ei as <-.
      pose proof (failed_backoff (state w t)) as Hb. cbv zeta in Hb. unfold max_min_interval in Hb. lia. }
  rewrite u32_small in E by (destruct (Hs) as [_ _ H3 H4 _ _ _ _]; unfold activity_time_last in *; destruct (negb _); lia).
  rewrite (Z.max_r (_ - _)) by lia. by apply u32_small.
Qed.

Lemma find_preferred_none env w l : forall preferred last next n,
  tracker_find_preferred env w l preferred last next = Ok (None, n) -> (preferred = None -> last = no_timeout) ->
  preferred = None /\ (n = next \/ exists t, t ∈ l /\ tracker_next_timeout_promiscuous env w t = Ok n) /\
  forall t, t ∈ l -> tracker_next_timeout_promiscuous env w t = Ok 0 -> no_timeout <= u64 (activity_time_last (state w t)).
Proof.
  induction l as [|t l IH]; intros preferred last next n E Hlast; cbn [tracker_find_preferred] in E.
  - injection E as -> ->. split_and!; [done|by left|]. intros t Ht. by apply elem_of_nil in Ht.
  - destruct (tracker_next_timeout_promiscuous env w t) as [k| |] eqn:Ek; [|done..]. cbn [mbind res_bind] in E.
    destruct (k =? 0) eqn:E0; cbn [negb] in E; bool_prop.
    + destruct (u64 (activity_time_last (state w t)) <? last) eqn:El; bool_prop; apply IH in E as (E1 & E2 & E3); try done.
      split_and!; [done|destruct E2 as [?|(u & ? & ?)]; [by left|right; exists u; split; [by right|done]]|].
      intros u [->|Hu]%elem_of_cons; [|by apply E3]. intros _. by rewrite <- (Hlast E1).
    + apply IH in E as (E1 & E2 & E3); [|done]. split_and!; [done| |].
      * destruct E2 as [->|(u & ? & ?)]; [|right; exists u; split; [by right|done]].
        destruct (Z.min_spec k next) as [[_ ->]|[_ ->]]; [right; exists t; split; [left|done]|by left].
      * intros u [->|Hu]%elem_of_cons; [congruence|by apply E3].
Qed.

(** A group that gave the timeout has a tracker to ask when it has passed. *)
Lemma group_due now now2 w t range next n next2 n2 : world_ok now w -> t ∈ w_trackers w -> range ⊆ w_trackers w ->
  group_preferred (env_at base now) w t range next = Ok (None, n) -> n <> next -> n <= max_normal_interval ->
  now + seconds n <= now2 -> group_preferred (env_at base now2) w t range next2 = Ok (None, n2) -> False.
Proof.
  intros Hw Ht Hr E1 Hn Hle Hnow. pose proof (wo_clock _ _ Hw) as Hc. unfold group_preferred in *.
  change (is_usable (env_at base now2) w t) with (is_usable (env_at base now) w t).
  destruct (_ || _).
  - apply find_preferred_none in E1 as (_ & [?|(u & Hu & Eu)] & _); [done| |done]. intros E2.
    apply find_preferred_none in E2 as (_ & _ & E2); [|done].
    specialize (E2 u Hu (promiscuous_due now now2 w u n Hc (wo_states _ _ Hw u (Hr u Hu)) Eu Hle Hnow)).
    pose proof (time_last_bound (env_at base now) (state w u) Hc (wo_states _ _ Hw u (Hr u Hu))) as Hb.
    rewrite u64_small in E2 by (unfold no_timeout in Hb; lia). lia.
  - destruct (tracker_next_timeout_promiscuous (env_at base now) w t) as [k| |] eqn:Ek; [|done..]. cbn [mbind res_bind] in E1.
    destruct (k =? 0) eqn:E0; cbn [negb] in E1; [done|]. injection E1 as E1.
    assert (n = k) as -> by lia. rewrite (promiscuous_due now now2 w t k Hc (wo_states _ _ Hw t Ht) Ek Hle Hnow). done.
Qed.

(** If a tracker is preferred, a request is queued. *)
Lemma preferred_queues env w t range next p n event : world_ok (env_now env) w -> quiet w -> t ∈ w_trackers w -> range ⊆ w_trackers w ->
  timeout_ok next -> event <> EVENT_SCRAPE -> group_preferred env w t range next = Ok (Some p, n) ->
  exists r, send_event env (Some p) event w = Ok (queue_request r w) /\ world_ok (env_now env) (queue_request r w) /\ timeout_ok n.
Proof.
  intros Hw Hq Ht Hr Hn He E. destruct (group_preferred_ok env w t range next Hw Ht Hr Hn) as (p' & n' & E' & F1 & F2 & F3).
  rewrite E in E'. injection E' as <- <-. destruct F3 as [Hp Hu].
  destruct (send_event_queues env w p event (wo_list _ _ Hw) Hp Hu (Hq p Hp) He) as (r & Es). exists r. split_and!; [done| |done].
  destruct (send_event_ok env w p event (wo_list _ _ Hw) Hp He) as (w' & Es' & Hf & _). rewrite Es in Es'. injection Es' as <-.
  by apply (frame_ok _ w).
Qed.

(** A turn over a group that ends without a request. *)
Lemma turn_silent env fuel event itr next w t n w' : world_ok (env_now env) w -> quiet w -> event <> EVENT_SCRAPE ->
  (length (w_trackers w) <= S fuel + itr)%nat -> timeout_ok next -> w_trackers w !! itr = Some t ->
  promiscuous_loop env (S fuel) event itr next w = Ok (n, w') -> w_requests w' = w_requests w ->
  let group_end := end_group (t_group t) w in
  exists n1, group_preferred env w t (take (group_end - itr) (drop itr (w_trackers w))) next = Ok (None, n1) /\ timeout_ok n1 /\
    promiscuous_loop env fuel event group_end n1 w = Ok (n, w') /\ (itr < group_end)%nat.
Proof.
  intros Hw Hq He Hlen Hn Hi E Hreq group_end. cbn [promiscuous_loop] in E. rewrite Hi in E.
  pose proof (group_bounds w itr t (wo_list _ _ Hw) Hi) as Hb. fold group_end in E, Hb.
  assert (Ht : t ∈ w_trackers w) by by eapply list_elem_of_lookup_2.
  destruct (has_active_not_scrape_in_group (t_group t) w) eqn:Ea.
  { exfalso. apply existsb_exists in Ea as (u & Hu & Hbu). apply list_elem_of_In, sub_take_drop in Hu.
    apply not_scrape_busy in Hbu. by rewrite Hq in Hbu. }
  rewrite (proj2 (Nat.ltb_ge group_end itr)) in E by lia. cbn [ub_when mbind res_bind] in E.
  set (range := take (group_end - itr) (drop itr (w_trackers w))) in *.
  destruct (group_preferred_ok env w t range next Hw Ht (sub_take_drop _ _ _) Hn) as (p & n1 & Eg & F1 & _ & _).
  rewrite Eg in E. cbn [mbind res_bind] in E. destruct p as [p|].
  - exfalso. destruct (preferred_queues env w t range next p n1 event Hw Hq Ht (sub_take_drop _ _ _) Hn He Eg) as (r & Es & Hw1 & _).
    rewrite Es in E. cbn [mbind res_bind] in E.
    destruct (promiscuous_loop_ok env event fuel group_end n1 (queue_request r w) Hw1 He) as (n2 & w2 & E2 & Hf & _); [cbn; lia|done|].
    rewrite E in E2. injection E2 as <- <-. by apply (queued_more _ _ _ _ Hf).
  - exists n1. split_and!; [done|done|done|lia].
Qed.

Lemma find_preferred_timer env e w l : forall preferred last next,
  tracker_find_preferred env (set_timeout e w) l preferred last next = tracker_find_preferred env w l preferred last next.
Proof.
  induction l as [|t l IH]; intros preferred last next; [done|]. cbn [tracker_find_preferred].
  change (tracker_next_timeout_promiscuous env (set_timeout e w) t) with (tracker_next_timeout_promiscuous env w t).
  destruct (tracker_next_timeout_promiscuous env w t) as [k| |]; [|done..]. cbn [mbind res_bind].
  change (state (set_timeout e w) t) with (state w t). destruct (negb (k =? 0)); [apply IH|]. destruct (_ <? last); apply IH.
Qed.

Lemma group_preferred_timer env e w t range next :
  group_preferred env (set_timeout e w) t range next = group_preferred env w t range next.
Proof.
  unfold group_preferred. change (is_usable env (set_timeout e w) t) with (is_usable env w t). change (state (set_timeout e w) t) with (state w t).
  destruct (_ || _); [apply find_preferred_timer|done].
Qed.

Lemma loop_due now now2 event w e : world_ok now w -> world_ok now2 (set_timeout e w) -> quiet w -> event <> EVENT_SCRAPE ->
  forall fuel itr next next2 n w' n2 w2, (length (w_trackers w) <= fuel + itr)%nat -> timeout_ok next -> timeout_ok next2 ->
  promiscuous_loop (env_at base now) fuel event itr next w = Ok (n, w') -> w_requests w' = w_requests w ->
  n <> next -> n <= max_normal_interval -> now + seconds n <= now2 ->
  promiscuous_loop (env_at base now2) fuel event itr next2 (set_timeout e w) = Ok (n2, w2) -> w_requests w2 <> w_requests w.
Proof.
  intros Hw Hv Hq He. induction fuel as [|fuel IH]; intros itr next next2 n w' n2 w2 Hlen Hn Hn2 E1 R1 Hne Hle Hnow E2 R2.
  { cbn [promiscuous_loop] in E1. destruct (w_trackers w !! itr); [done|]. injection E1 as <- <-. done. }
  destruct (w_trackers w !! itr) as [t|] eqn:Hi; [|cbn [promiscuous_loop] in E1; rewrite Hi in E1; injection E1 as <- <-; done].
  destruct (turn_silent (env_at base now) fuel event itr next w t n w' Hw Hq He Hlen Hn Hi E1 R1) as (n1 & G1 & F1 & L1 & Hlt).
  destruct (turn_silent (env_at base now2) fuel event itr next2 (set_timeout e w) t n2 w2 Hv Hq He Hlen Hn2 Hi E2 R2) as (n3 & G2 & F2 & L2 & _).
  destruct (decide (n = n1)) as [<-|Hn1].
  - assert (Ht : t ∈ w_trackers w) by by eapply list_elem_of_lookup_2.
    rewrite group_preferred_timer in G2.
    exact (group_due now now2 w t _ next n next2 n3 Hw Ht (sub_take_drop _ _ _) G1 Hne Hle Hnow G2).
  - refine (IH _ n1 n3 n w' n2 w2 _ F1 F2 L1 R1 Hn1 Hle Hnow L2 R2). lia.
Qed.

Lemma loop_silent env event w : world_ok (env_now env) w -> quiet w -> event <> EVENT_SCRAPE ->
  forall fuel itr next n w', (length (w_trackers w) <= fuel + itr)%nat -> timeout_ok next ->
  promiscuous_loop env fuel event itr next w = Ok (n, w') -> w_requests w' = w_requests w -> w' = w.
Proof.
  intros Hw Hq He. induction fuel as [|fuel IH]; intros itr next n w' Hlen Hn E R.
  { cbn [promiscuous_loop] in E. destruct (w_trackers w !! itr); [done|]. by injection E. }
  destruct (w_trackers w !! itr) as [t|] eqn:Hi; [|cbn [promiscuous_loop] in E; rewrite Hi in E; by injection E].
  destruct (turn_silent env fuel event itr next w t n w' Hw Hq He Hlen Hn Hi E R) as (n1 & _ & F1 & L1 & Hlt).
  refine (IH _ n1 n w' _ F1 L1 R). lia.
Qed.

Lemma next_request_timer env e w : find_next_to_request env 0 (set_timeout e w) = find_next_to_request env 0 w.
Proof.
  unfold find_next_to_request. cbn [set_timeout set_controller w_trackers].
  change (can_request_state env (set_timeout e w)) with (can_request_state env w).
  destruct (snd (find_split (can_request_state env w) (drop 0 (w_trackers w)))) as [|t l]; [done|].
  change (state (set_timeout e w) t) with (state w t). destruct (_ =? 0); [done|]. f_equal. revert t.
  induction l as [|u l IH]; intros t; [done|]. cbn [next_loop].
  change (can_request_state env (set_timeout e w) u) with (can_request_state env w u).
  change (state (set_timeout e w)) with (state w). rewrite !IH. done.
Qed.

Lemma quiet_waits w : quiet w -> w_requests w = [] -> waits w -> exists time, m_task_timeout w = Some time.
Proof.
  intros Hq R [Hs|(t & Ht & [Hb|(p & e & Hin & _)])]; [by destruct (m_task_timeout w) as [time|]; [exists time|]| |].
  - by rewrite Hq in Hb.
  - rewrite R in Hin. by apply elem_of_nil in Hin.
Qed.

Lemma quiet_no_flight w : quiet w -> w_requests w = [] -> ~ flight w.
Proof. intros Hq R (t & Ht & [Hb|(p & e & Hin & _)]); [by rewrite Hq in Hb|rewrite R in Hin; by apply elem_of_nil in Hin]. Qed.

(** With the modes that ask several trackers. *)
Lemma promiscuous_due_again now now2 w n w1 n2 w2 event : world_ok now w -> world_ok now2 w -> quiet w -> has_usable base w = true ->
  event <> EVENT_SCRAPE -> event <> EVENT_STOPPED -> w_requests w = [] ->
  promiscuous_loop (env_at base now) (length (w_trackers w)) event 0 no_timeout w = Ok (n, w1) -> w_requests w1 = [] ->
  w1 = w /\ 0 <= n <= max_wait /\ (now + seconds n <= now2 ->
    promiscuous_loop (env_at base now2) (length (w_trackers w)) event 0 no_timeout w = Ok (n2, w2) -> w_requests w2 <> []).
Proof.
  intros Hw Hw2 Hq Hu He Hs R E R1.
  assert (w1 = w) as ->.
  { eapply (loop_silent (env_at base now)); [exact Hw|exact Hq|exact He| | |exact E|congruence]; [lia|by left]. }
  assert (Hn : timeout_ok n /\ n <= max_normal_interval).
  { destruct (promiscuous_loop_ok (env_at base now) event (length (w_trackers w)) 0 no_timeout w Hw He)
      as (n' & w' & E' & _ & _ & _ & F1 & _ & F2); [lia|by left|].
    rewrite E in E'. injection E' as <- <-. split; [done|]. destruct (has_usable_elem base w Hu) as (j & t & Hj & Ht).
    destruct (F2 Hs j t Hj ltac:(lia) Ht) as [?|Hf]; [done|]. by apply quiet_no_flight in Hf. }
  destruct Hn as [Hn Hle]. split_and!; [done| |unfold max_wait, max_normal_interval in *; lia|].
  { unfold timeout_ok, no_timeout, max_normal_interval in *. lia. }
  intros Hnow E2. rewrite <- R. assert (Heta : set_timeout (m_task_timeout w) w = w) by by destruct w.
  refine (loop_due now now2 event w (m_task_timeout w) Hw _ Hq He (length (w_trackers w)) 0 no_timeout no_timeout n w n2 w2 _ _ _ E _ _ Hle Hnow _);
    rewrite ?Heta; [done|lia|by left|by left|done| |done]. unfold no_timeout, max_normal_interval in *. lia.
Qed.

(** [do_timeout] behind its guards. *)
Definition ask (env : environment) (w : world) : res world :=
  if is_promiscuous_mode w || is_requesting w then
    '(next_timeout, w) ← promiscuous_loop env (length (w_trackers w)) (current_send_event w) 0 no_timeout w;
    if negb (next_timeout =? no_timeout) then update_timeout env next_timeout w else Ok w
  else
    match find_next_to_request env 0 w with
    | None => Ok w
    | Some t =>
      if activity_time_next (state w t) <=? cached_seconds env then send_event env (Some t) (current_send_event w) w
      else update_timeout env (u32 (activity_time_next (state w t) - cached_seconds env)) w
    end.

Lemma do_timeout_ask env w : is_active w = true -> has_usable env w = true -> do_timeout env w = ask env (set_timeout None w).
Proof.
  intros Ha Hu. unfold do_timeout. set (v := set_timeout _ w). change (is_active v) with (is_active w).
  change (has_usable env v) with (has_usable env w). by rewrite Ha, Hu.
Qed.

Lemma ask_promiscuous now now2 w w1 : world_ok now w -> world_ok now2 w -> quiet w -> wants base w -> w_requests w = [] ->
  is_promiscuous_mode w || is_requesting w = true -> ask (env_at base now) w = Ok w1 -> w_requests w1 = [] ->
  exists time, w1 = set_timeout (Some time) w /\ (time <= now2 -> forall w2, ask (env_at base now2) w = Ok w2 -> w_requests w2 <> []).
Proof.
  intros Hw Hw2 Hq (Ha & Hu & Hs) R Hm E1 R1. unfold ask in *. rewrite Hm in *.
  pose proof (send_event_not_scrape w) as He. assert (Hst : current_send_event w <> EVENT_STOPPED) by by apply send_event_not_stopped.
  assert (Hreq : forall env n u v, (if negb (n =? no_timeout) then update_timeout env n u else Ok u) = Ok v -> w_requests v = w_requests u).
  { intros env n u v. destruct (negb _); [|by intros [= <-]]. unfold update_timeout. destruct (throw_when _ _) as [[]| |]; [|done..].
    cbn [mbind res_bind]. destruct (if n =? 0 then _ else _) as [x| |]; [|done..]. by intros [= <-]. }
  destruct (promiscuous_loop (env_at base now) _ _ _ _ _) as [[n v]| |] eqn:El; [|done..]. cbn [mbind res_bind] in E1.
  pose proof (Hreq _ _ _ _ E1) as Rv. rewrite R1 in Rv.
  assert (Hdue : forall n2 v2, v = w /\ 0 <= n <= max_wait /\ (now + seconds n <= now2 ->
    promiscuous_loop (env_at base now2) (length (w_trackers w)) (current_send_event w) 0 no_timeout w = Ok (n2, v2) -> w_requests v2 <> [])).
  { intros n2 v2. by eapply promiscuous_due_again. }
  destruct (Hdue 0 w) as (-> & Hn & _). rewrite (proj2 (Z.eqb_neq n no_timeout)) in E1 by (unfold no_timeout, max_wait in *; lia).
  destruct (update_timeout_ok (env_at base now) n w (wo_clock _ _ Hw) Ha Hn) as (time & [Ht _] & Et). cbn [negb] in E1. rewrite Et in E1. injection E1 as <-.
  exists time. split; [done|]. cbn [env_at env_now] in Ht. intros Hle w2 E2.
  destruct (promiscuous_loop (env_at base now2) _ _ _ _ _) as [[n2 v2]| |] eqn:El2; [|done..]. cbn [mbind res_bind] in E2.
  rewrite (Hreq _ _ _ _ E2). destruct (Hdue n2 v2) as (_ & _ & Hd). apply Hd; [lia|done].
Qed.

Lemma ask_next now now2 w w1 : world_ok now w -> world_ok now2 w -> quiet w -> wants base w -> w_requests w = [] ->
  is_promiscuous_mode w || is_requesting w = false -> ask (env_at base now) w = Ok w1 -> w_requests w1 = [] ->
  exists time, w1 = set_timeout (Some time) w /\ (time <= now2 -> forall w2, ask (env_at base now2) w = Ok w2 -> w_requests w2 <> []).
Proof.
  intros Hw Hw2 Hq (Ha & Hu & Hs) R Hm E1 R1. unfold ask in *. rewrite Hm in *. pose proof (send_event_not_scrape w) as He.
  change (find_next_to_request (env_at base now2) 0 w) with (find_next_to_request (env_at base now) 0 w).
  destruct (find_next_to_request (env_at base now) 0 w) as [t|] eqn:En.
  2: { exfalso. apply (quiet_no_flight w Hq R). by apply (next_request_flight (env_at base now)). }
  destruct (next_request_in (env_at base now) w t En) as [Ht Hut].
  destruct (send_event_queues (env_at base now) w t (current_send_event w) (wo_list _ _ Hw) Ht Hut (Hq t Ht) He) as (r & Es).
  destruct (_ <=? cached_seconds (env_at base now)) eqn:El; bool_prop.
  { exfalso. rewrite Es in E1. injection E1 as <-. cbn in R1. by destruct (w_requests w). }
  pose proof (cached_nonneg (env_at base now) (wo_clock _ _ Hw)) as Hnow.
  pose proof (activity_time_next_bound (env_at base now) (state w t) (wo_states _ _ Hw t Ht)) as Hb.
  cbv zeta in Hb. specialize (Hb ltac:(lia)). unfold max_normal_interval in Hb. rewrite u32_small in E1 by lia.
  destruct (update_timeout_ok (env_at base now) (activity_time_next (state w t) - cached_seconds (env_at base now)) w (wo_clock _ _ Hw) Ha)
    as (time & [Htime _] & Et); [unfold max_wait; lia|].
  rewrite Et in E1. injection E1 as <-. exists time. split; [done|]. cbn [env_at env_now] in Htime. intros Hle w2 E2.
  pose proof (cached_later now now2 (activity_time_next (state w t) - cached_seconds (env_at base now)) (wo_clock _ _ Hw) ltac:(lia) ltac:(lia)) as Hlater.
  unfold cached_seconds in *. cbn [env_at env_now] in *. rewrite (proj2 (Z.leb_le _ _)) in E2 by lia.
  destruct (send_event_queues (env_at base now2) w t (current_send_event w) (wo_list _ _ Hw) Ht Hut (Hq t Ht) He) as (r2 & Es2).
  rewrite Es2 in E2. injection E2 as <-. cbn. by destruct (w_requests w).
Qed.

(** The timer runs out with nothing on the way: a request is queued, or the
    timer is set so that one is when it runs out again. *)
Lemma do_timeout_due now now2 w w1 : world_ok now w -> world_ok now2 w -> quiet w -> wants base w -> w_requests w = [] ->
  do_timeout (env_at base now) w = Ok w1 -> w_requests w1 = [] ->
  exists time, w1 = set_timeout (Some time) w /\
    (time <= now2 -> forall e w2, do_timeout (env_at base now2) (set_timeout e w1) = Ok w2 -> w_requests w2 <> []).
Proof.
  intros Hw Hw2 Hq Hwants R E1 R1. destruct (Hwants) as (Ha & Hu & Hs). rewrite do_timeout_ask in E1 by done.
  assert (Hv : world_ok now (set_timeout None w) /\ world_ok now2 (set_timeout None w)) by (split; eapply frame_ok; try done; frame_controller).
  destruct Hv as [Hv Hv2].
  assert (exists time, w1 = set_timeout (Some time) (set_timeout None w) /\
    (time <= now2 -> forall w2, ask (env_at base now2) (set_timeout None w) = Ok w2 -> w_requests w2 <> [])) as (time & -> & Hagain).
  { destruct (is_promiscuous_mode (set_timeout None w) || is_requesting (set_timeout None w)) eqn:Em.
    - exact (ask_promiscuous now now2 (set_timeout None w) w1 Hv Hv2 Hq Hwants R Em E1 R1).
    - exact (ask_next now now2 (set_timeout None w) w1 Hv Hv2 Hq Hwants R Em E1 R1). }
  exists time. split; [done|]. intros Hle e w2 E2. rewrite do_timeout_ask in E2 by done. by apply Hagain.
Qed.

(** ** A system left alone *)

(** The next thing that happens if nobody calls and every request is taken. *)
Definition next_step (s : system) : step :=
  match s_replies s, w_requests (s_world s), m_task_timeout (s_world s) with
  | _ :: _, _, _ => step_reply
  | [], _ :: _, _ => step_request None
  | [], [], Some time => if s_now s <? time then step_time time else step_timer
  | [], [], None => step_reply
  end.

(** Runs until a tracker is being asked. *)
Fixpoint left_alone (fuel : nat) (s : system) : res system :=
  if has_active (s_world s) then Ok s
  else match fuel with O => Ok s | S fuel => s ← run_step base (next_step s) s; left_alone fuel s end.

Definition asks_by (limit : Z) (r : res system) : Prop := exists s, r = Ok s /\ has_active (s_world s) = true /\ s_now s <= limit.

Lemma left_alone_active limit n s : has_active (s_world s) = true -> s_now s <= limit -> asks_by limit (left_alone n s).
Proof. intros Ha Hn. exists s. destruct n; cbn [left_alone]; by rewrite Ha. Qed.

Lemma left_alone_more limit n : forall s, asks_by limit (left_alone n s) -> asks_by limit (left_alone (S n) s).
Proof.
  induction n as [|n IH]; intros s (s' & E & Ha & Hn); cbn [left_alone] in E.
  - destruct (has_active (s_world s)) eqn:Eh; injection E as <-; [by apply left_alone_active|congruence].
  - destruct (has_active (s_world s)) eqn:Eh; [injection E as <-; by apply left_alone_active|].
    remember (S n) as m eqn:Em. cbn [left_alone]. rewrite Eh. destruct (run_step base (next_step s) s) as [s1| |]; [|done..].
    cbn [mbind res_bind] in *. subst m. apply IH. by exists s'.
Qed.

Lemma quiet_iff w : has_active w = false -> quiet w.
Proof.
  intros Hf t Ht. destruct (busy w t) eqn:E; [|done]. exfalso. apply (not_true_iff_false (has_active w)) in Hf. apply Hf.
  apply existsb_exists. exists t. split; [by apply list_elem_of_In|done].
Qed.

Definition stop_free (w : world) : Prop := forall r, r ∈ w_requests w -> ~ stopped r.

(** The request that is taken makes its tracker ask. *)
Lemma take_request_asks s : system_ok s -> w_requests (s_world s) <> [] -> stop_free (s_world s) ->
  has_active (s_world (take_request None s)) = true /\ s_now (take_request None s) = s_now s.
Proof.
  intros [Hw _ _] Hne Hst. unfold take_request. destruct (w_requests (s_world s)) as [|r rest] eqn:Eq; [done|].
  destruct (wo_requests _ _ Hw r) as (t0 & p & event & -> & Ht0 & He); [rewrite Eq; left|].
  assert (Hns : event <> EVENT_STOPPED) by (intros ->; apply (Hst (send_event_request (t_id t0) p EVENT_STOPPED)); [rewrite Eq; left|done]).
  set (v := set_requests rest (s_world s)). destruct (find_id_known v (t_id t0)) as (t & Ef & Ht & _); [by exists t0|].
  cbn [s_world]. rewrite Ef. rewrite (bool_decide_eq_false_2 (event = EVENT_STOPPED)) by done. rewrite andb_false_r.
  split; [|done]. apply existsb_exists. exists t. split.
  - apply list_elem_of_In. cbn [s_world update_state set_states w_trackers]. unfold mark_starting_request. by destruct (is_dht t).
  - apply busy_requesting, requesting_flag.
Qed.

Lemma request_phase limit n s : system_ok s -> s_replies s = [] -> w_requests (s_world s) <> [] -> stop_free (s_world s) ->
  s_now s <= limit -> asks_by limit (left_alone (S n) s).
Proof.
  intros Hs Hr Hne Hst Hn. cbn [left_alone]. destruct (has_active (s_world s)) eqn:Ea; [by exists s|].
  assert (Hnext : next_step s = step_request None) by (unfold next_step; rewrite Hr; by destruct (w_requests (s_world s))).
  rewrite Hnext. cbn [run_step mbind res_bind]. destruct (take_request_asks s Hs Hne Hst) as [H1 H2]. apply left_alone_active; [done|lia].
Qed.

(** Nothing is queued, so the timer runs out. *)
Lemma timer_phase n s time : s_replies s = [] -> w_requests (s_world s) = [] -> has_active (s_world s) = false ->
  m_task_timeout (s_world s) = Some time -> let now := Z.max (s_now s) time in
  forall limit, (forall w, do_timeout (env_at base now) (set_timeout None (s_world s)) = Ok w -> asks_by limit (left_alone n (System w [] now))) ->
  (exists w, do_timeout (env_at base now) (set_timeout None (s_world s)) = Ok w) -> asks_by limit (left_alone (S (S n)) s).
Proof.
  intros Hr Hq Ha Ht now limit Hk (w & E).
  assert (Hfire : forall u, s_replies u = [] -> s_world u = s_world s -> s_now u = now -> asks_by limit (left_alone (S n) u)).
  { intros u Hur Huw Hun. cbn [left_alone]. rewrite Huw, Ha. unfold next_step. rewrite Hur, Huw, Hq, Ht.
    rewrite (proj2 (Z.ltb_ge (s_now u) time)) by lia. cbn [run_step]. rewrite Hun, Huw, E, Hur. cbn [mbind res_bind]. by apply Hk. }
  destruct (s_now s <? time) eqn:El; bool_prop.
  - remember (S n) as m eqn:Em. cbn [left_alone]. rewrite Ha. unfold next_step. rewrite Hr, Hq, Ht.
    rewrite (proj2 (Z.ltb_lt (s_now s) time)) by lia. cbn [run_step mbind res_bind]. subst m. apply Hfire; [done|done|cbn; lia].
  - apply left_alone_more. apply Hfire; [done|done|lia].
Qed.

(** What the timer leaves behind, with nothing on the way before. *)
Lemma fired now w w' : world_ok now w -> wants base w -> stop_free w -> do_timeout (env_at base now) w = Ok w' ->
  system_ok (System w' [] now) /\ wants base w' /\ stop_free w' /\ frame_at now w w'.
Proof.
  intros Hw Hwants Hst E. destruct (do_timeout_ok (env_at base now) w Hw) as (w1 & E1 & Hf & _ & Hg). rewrite E in E1. injection E1 as <-.
  destruct (calm_steady now w w w') as [H1 H2]; [done|done|done|by apply (do_timeout_calm (env_at base now))|done|done|].
  split_and!; [|done|done|done]. apply system_waits; [by apply (frame_ok _ w)|constructor|exact Hg].
Qed.

Lemma idle_phase n s : system_ok s -> wants base (s_world s) -> stop_free (s_world s) -> s_replies s = [] ->
  clock_ok (s_now s + 2 * max_delay) -> asks_by (s_now s + 2 * max_delay) (left_alone (5 + n) s).
Proof.
  intros Hs Hwants Hst Hr Hc. set (limit := s_now s + 2 * max_delay) in *. assert (Hd : 0 <= max_delay) by (unfold max_delay, max_wait, seconds; lia).
  destruct (has_active (s_world s)) eqn:Ea; [apply left_alone_active; [done|lia]|].
  destruct (decide (w_requests (s_world s) = [])) as [Hq|Hq]; [|apply request_phase; [done..|lia]].
  destruct (Hs) as [Hw _ Hal]. rewrite Hr in Hal.
  destruct (quiet_waits (s_world s) (quiet_iff _ Ea) Hq) as (time & Ht); [by destruct (Hal Hwants) as [?|?%Exists_nil]|].
  pose proof (wo_timer _ _ Hw time Ht) as Hle. change (5 + n)%nat with (S (S (3 + n))).
  set (now := Z.max (s_now s) time). set (v := set_timeout None (s_world s)).
  assert (Hclock : forall k, s_now s <= k <= limit -> clock_ok k).
  { intros k Hk. pose proof (wo_clock _ _ Hw) as Hcs. unfold clock_ok in *. lia. }
  assert (Hv : world_ok now v).
  { apply (world_ok_later (s_now s)); [eapply frame_ok; [exact Hw|frame_controller]|lia|apply Hclock; lia]. }
  assert (Hvw : wants base v) by done.
  apply (timer_phase _ _ time); [done..| |].
  2: { destruct (do_timeout_ok (env_at base now) v Hv) as (w & E & _). by exists w. }
  fold v now. intros w1 E1. destruct (fired now v w1 Hv Hvw Hst E1) as (Hs1 & Hwants1 & Hst1 & Hf1).
  destruct (decide (w_requests w1 = [])) as [Hq1|Hq1]; [|apply (request_phase _ (2 + n)); [done..|cbn; lia]].
  destruct (do_timeout_due now (now + max_delay) v w1) as (time2 & Ew & _); [done| |by apply quiet_iff|done|done|done|done|].
  { apply (world_ok_later now); [done|lia|apply Hclock; lia]. }
  assert (Hle2 : time2 <= now + max_delay) by (apply (wo_timer _ _ (sy_world _ Hs1)); cbn; by rewrite Ew).
  set (now2 := Z.max now time2). assert (Hv2 : world_ok now2 v) by (apply (world_ok_later now); [done|lia|apply Hclock; lia]).
  destruct (do_timeout_due now now2 v w1) as (time3 & Ew3 & Hdue); [done|done|by apply quiet_iff|done|done|done|done|].
  assert (time3 = time2) as -> by (rewrite Ew in Ew3; by injection Ew3).
  assert (Hw1 : world_ok now2 (set_timeout None w1)) by (rewrite Ew; exact Hv2).
  apply (timer_phase (1 + n) (System w1 [] now) time2); cbn [s_replies s_world s_now]; [done|done|by rewrite Ew|by rewrite Ew| |].
  - fold now2. intros w2 E2. destruct (fired now2 (set_timeout None w1) w2 Hw1 Hwants1 Hst1 E2) as (Hs2 & _ & Hst2 & _).
    apply (request_phase _ n); [done|done| |done|cbn; lia]. apply (Hdue ltac:(lia) _ _ E2).
  - fold now2. destruct (do_timeout_ok (env_at base now2) (set_timeout None w1) Hw1) as (w & E & _). by exists w.
Qed.

Lemma replies_phase limit m : (forall s, system_ok s -> wants base (s_world s) -> stop_free (s_world s) -> s_replies s = [] ->
    s_now s + 2 * max_delay = limit -> asks_by limit (left_alone m s)) ->
  forall s, system_ok s -> wants base (s_world s) -> stop_free (s_world s) -> s_now s + 2 * max_delay = limit ->
  asks_by limit (left_alone (length (s_replies s) + m) s).
Proof.
  intros Hm s. remember (s_replies s) as l eqn:El. revert s El. induction l as [|r l IH]; intros s El Hs Hwants Hst Hl; [by apply Hm|].
  cbn [length Nat.add left_alone]. destruct (has_active (s_world s)) eqn:Ea.
  { exists s. split_and!; [done|done|]. unfold max_delay, max_wait, seconds in Hl. lia. }
  assert (Hnext : next_step s = step_reply) by (unfold next_step; by rewrite <- El). rewrite Hnext. cbn [run_step]. rewrite <- El.
  destruct (Hs) as [Hw Hr Hal]. rewrite <- El in Hr, Hal.
  destruct (deliver_ok r l (s_world s) (s_now s) Hw Hr Hal) as (w & -> & Hok & Hst').
  cbn [mbind res_bind]. destruct (Hst' Hwants Hst) as [H1 H2]. by apply IH.
Qed.

(** ** Reachable systems *)

(** The steps that can happen: time goes on, trackers are of the list, groups
    and URLs are as the callers give them, a worker is done with what it was
    asked, and peers are internet addresses. *)
Definition possible (x : step) (s : system) : Prop :=
  match x with
  | step_time now => s_now s <= now /\ clock_ok now
  | step_call (call_insert group url extra) => call_allowed (call_insert group url extra) (s_world s)
  | step_call (call_enable_tracker t) | step_call (call_disable_tracker t) => t ∈ w_trackers (s_world s)
  | step_call (call_cycle group) => 0 <= group < 2 ^ 32 - 1
  | step_call _ => True
  | step_timer => is_timeout_queued (s_world s) = true
  | step_done t i result => allowed (step_done t i result) s
  | step_new_peers l => Forall is_inet l
  | step_scrape_timer | step_request _ | step_reply => True
  end.

(** The steps after which the controller may fall silent (the examples at the
    end show one each): a download completes while no tracker that can be asked
    has answered before, something is scraped, the requests are cancelled, or a
    worker of the DHT takes the order to stop. *)
Definition disturbs (x : step) (s : system) : Prop :=
  match x with
  | step_call call_completed => is_active (s_world s) && has_usable base (s_world s) = true /\ can_complete base (s_world s) = false
  | step_call (call_scrape _) | step_call call_cancel | step_scrape_timer => True
  | step_request _ =>
    match w_requests (s_world s) with
    | send_event_request id _ EVENT_STOPPED :: _ => exists t, t ∈ w_trackers (s_world s) /\ t_id t = id /\ is_dht t = true
    | _ => False
    end
  | _ => False
  end.

Lemma undisturbed_allowed x s : possible x s -> ~ disturbs x s -> allowed x s.
Proof.
  intros Hp Hd. destruct x as [now|[]| | |refused|t i result|l|]; cbn [possible disturbs allowed call_allowed] in *; try done; try (by destruct Hd).
  - intros Ha. destruct (can_complete base (s_world s)); [done|]. by destruct Hd.
  - destruct (w_requests (s_world s)) as [|[id p []|] rest]; try done. intros t Ht Hid.
    destruct (is_dht t) eqn:E; [|done]. destruct Hd. by exists t.
Qed.

Definition start_system (key numwant now : Z) : system := System (World [] ∅ 0 key numwant 0 None None [] []) [] now.

Inductive reachable : system -> Prop :=
  | reachable_start key numwant now : clock_ok now -> reachable (start_system key numwant now)
  | reachable_step s x s' : reachable s -> possible x s -> ~ disturbs x s -> run_step base x s = Ok s' -> reachable s'.

Lemma reachable_system_ok s : reachable s -> system_ok s.
Proof.
  induction 1 as [key numwant now Hc|s x s' _ IH Hp Hd E].
  - constructor; cbn [s_world s_replies s_now start_system]; [|constructor|by intros (H1 & _)].
    constructor; [done| |by intros t Ht%elem_of_nil|by intros t Ht%elem_of_nil|done].
    constructor; [constructor|constructor|by intros t Ht%elem_of_nil].
  - destruct (step_ok x s IH (undisturbed_allowed x s Hp Hd)) as (s1 & E1 & Hok). rewrite E in E1. by injection E1 as <-.
Qed.


(** C19: In a system that has gone through calls, timers, requests and replies of
    which none disturbs the controller (no scrape, no cancelled requests, no
    order to stop taken by a DHT worker, no completion while no usable tracker
    has answered before), an active controller with a usable tracker, which was
    not told to stop and has no such order queued, asks a tracker: left alone,
    with every queued request taken, it does so after it took its replies and
    after its timer ran out twice at most, within sixteen hours and two
    seconds. *)
Theorem asks_in_time s : reachable s -> wants base (s_world s) -> stop_free (s_world s) -> clock_ok (s_now s + 2 * max_delay) ->
  exists s', left_alone (length (s_replies s) + 5) s = Ok s' /\ has_active (s_world s') = true /\ s_now s' <= s_now s + 2 * max_delay.
Proof.
  intros Hs%reachable_system_ok Hw Hst Hc. apply replies_phase; [|done..]. intros s1 Hs1 Hw1 Hst1 Hr1 E.
  rewrite <- E. apply (idle_phase 0); [done..|by rewrite E].
Qed.

(** ** Runs *)

Fixpoint run_steps (l : list step) (s : system) : res system :=
  match l with [] => Ok s | x :: l => s ← run_step base x s; run_steps l s end.

(** Active, not told to stop and with a usable tracker, but no timer, no
    request, nothing being asked and no reply to come. *)
Definition silent (s : system) : bool :=
  let w := s_world s in
  is_active w && has_usable base w && negb (has_flag flag_send_stop (c_flags w)) && negb (is_timeout_queued w) && negb (has_active w)
  && bool_decide (length (w_requests w) = 0%nat) && bool_decide (length (s_replies s) = 0%nat).
End system.

(** ** A system that can be run *)

Definition example_env : environment := Env 0 true true 0 0 0 (fun _ => 0).
Definition example_now : Z := 1000000000000000.
Definition example_start : system := start_system 1 0 example_now.
Definition http_tracker : tracker := Tracker 0 TRACKER_HTTP (str "http://a/announce") 0.
Definition second_tracker : tracker := Tracker 1 TRACKER_HTTP (str "http://b/announce") 1.
Definition dht_tracker : tracker := Tracker 0 TRACKER_DHT (str "dht://") 0.

Definition insert_http : step := step_call (call_insert 0 (str "http://a/announce") false).
Definition insert_second : step := step_call (call_insert 1 (str "http://b/announce") false).
Definition insert_dht : step := step_call (call_insert 0 (str "dht://") false).

Definition run_example (l : list step) : res system := run_steps (H := true) example_env l example_start.

Lemma example_clock : clock_ok example_now.
Proof. vm_compute. split; [discriminate|reflexivity]. Qed.

Definition system_after (l : list step) : system := match run_example l with Ok s => s | _ => example_start end.

(** A torrent with one tracker is started. *)
Definition started_system : system := system_after [insert_http; step_call (call_enable 0); step_call call_start].

Lemma started_reachable : reachable (H := true) example_env started_system.
Proof.
  refine (reachable_step (H := true) _ (system_after [insert_http; step_call (call_enable 0)]) (step_call call_start) _ _ I (fun H => H) _);
    [|vm_compute; reflexivity].
  refine (reachable_step (H := true) _ (system_after [insert_http]) (step_call (call_enable 0)) _ _ I (fun H => H) _); [|vm_compute; reflexivity].
  refine (reachable_step (H := true) _ example_start insert_http _ (reachable_start _ _ _ _ example_clock) _ (fun H => H) _); [|vm_compute; reflexivity].
  split_and!; [lia|lia|done|]. intros H. vm_compute in H. discriminate.
Qed.


Lemma asks_in_time_witness :
  exists s, left_alone (H := true) example_env 5 started_system = Ok s /\ has_active (s_world s) = true.
Proof.
  destruct (asks_in_time (H := true) example_env started_system started_reachable) as (s & E & Ha & _).
  - split_and!; vm_compute; reflexivity.
  - intros r Hr. change (w_requests (s_world started_system)) with [send_event_request 0 (Params 0 0 0 0) EVENT_STARTED] in Hr.
    apply list_elem_of_singleton in Hr as ->. exact (fun H => H).
  - vm_compute. split; [discriminate|reflexivity].
  - exists s. split; [exact E|exact Ha].
Defined.

(** A download that completes before any tracker answered: the event closes the
    timer and is sent to no tracker, and the controller falls silent. *)
Example completed_falls_silent :
  match run_example [insert_http; step_call (call_enable 0); step_call call_completed] with Ok s => silent example_env s | _ => false end = true.
Proof. vm_compute. reflexivity. Qed.

(** The requests are cancelled: the timer is gone, and nothing sets it. *)
Example cancel_falls_silent :
  match run_example [insert_http; step_call (call_enable 0); step_call call_cancel] with Ok s => silent example_env s | _ => false end = true.
Proof. vm_compute. reflexivity. Qed.

(** A tracker that is being scraped when another one answers: no timer is set
    for the next request, and the reply to the scrape sets none either. *)
Example scrape_falls_silent :
  match run_example [insert_http; step_call (call_enable 0); step_timer; step_request None; insert_second;
    step_call (call_scrape 0); step_scrape_timer; step_request None; step_done http_tracker None (inl []); step_reply;
    step_done second_tracker None (inl []); step_reply]
  with Ok s => silent example_env s | _ => false end = true.
Proof. vm_compute. reflexivity. Qed.

(** A torrent that is stopped and started again while its DHT worker has not
    yet taken the first request: taking it drops the second one. *)
Example restart_falls_silent :
  match run_example [insert_dht; step_call (call_enable 0); step_timer; step_request None; step_done dht_tracker None (inl []); step_reply;
    step_call call_stop; step_call call_disable; step_call (call_enable 0); step_call call_start; step_request None]
  with Ok s => silent example_env s | _ => false end = true.
Proof. vm_compute. reflexivity. Qed.
End TrackerProgress.
