(* ===== verification/ChunkList.v ===== *)
(** * Chunks in memory (src/data/chunk_list.cc, chunk_list_node.h,
      chunk_handle.h, chunk_manager.cc, src/torrent/runtime/memory_manager.cc)

    Module [MemoryManager]: the limits and the accounting of mapped memory.
    Module [ChunkList]: the chunks of a download, mapped on demand and counted
    by the handles on them, the queue of chunks that wait to be written to
    disk, and the manager that syncs the queues of all downloads when memory
    gets short.

    A chunk list is an entry of a store; a pointer to a node is the number of
    its list and its place in it.  Mapping and syncing are the operating
    system's: what they answer is an argument, and a chunk is known by its
    permissions.  The handles that others hold are part of the state, since a
    storage error makes their holders let go of them and closes the download.
    Instrumentation counters are left out, and so are find_address and the
    pages behind a chunk. *)

From S2P Require Import Prelude Scheduler.
Import SchedulerEntry.

Module MemoryManager.

Record memory := Memory {
  m_memory_usage : Z;
  m_memory_block_count : Z;
  m_max_memory_usage : Z;
  m_sync_queue_block_count : Z;
  m_sync_queue_memory_usage : Z;
  m_safe_sync : bool;
  m_timeout_sync : Z;
  m_preload_type : Z;
  m_preload_min_size : Z;
  m_preload_required_rate : Z;
  m_stats_preloaded : Z;
  m_stats_not_preloaded : Z }.

(** [get_adjusted_rlimit_as] for a limit of [getrlimit], if there is one. *)
Definition get_adjusted_rlimit_as (rlim_cur : option Z) : Z :=
  match rlim_cur with None => 2 ^ 64 - 1 | Some n => n - n / 8 end.

Definition new_memory (rlim_cur : option Z) (default_address_space_size : Z) : memory :=
  Memory 0 0 (Z.min (get_adjusted_rlimit_as rlim_cur) (u64 (Z.shiftl default_address_space_size 20)))
    0 0 false 600 0 (Z.shiftl 256 10) (Z.shiftl 5 10) 0 0.

Definition set_usage (usage count : Z) (m : memory) : memory :=
  Memory usage count (m_max_memory_usage m) (m_sync_queue_block_count m) (m_sync_queue_memory_usage m) (m_safe_sync m) (m_timeout_sync m)
    (m_preload_type m) (m_preload_min_size m) (m_preload_required_rate m) (m_stats_preloaded m) (m_stats_not_preloaded m).
Definition set_sync_queue (count usage : Z) (m : memory) : memory :=
  Memory (m_memory_usage m) (m_memory_block_count m) (m_max_memory_usage m) count usage (m_safe_sync m) (m_timeout_sync m)
    (m_preload_type m) (m_preload_min_size m) (m_preload_required_rate m) (m_stats_preloaded m) (m_stats_not_preloaded m).
Definition set_settings (max : Z) (safe : bool) (timeout type min_size rate : Z) (m : memory) : memory :=
  Memory (m_memory_usage m) (m_memory_block_count m) max (m_sync_queue_block_count m) (m_sync_queue_memory_usage m) safe timeout
    type min_size rate (m_stats_preloaded m) (m_stats_not_preloaded m).

Definition set_max_memory_usage (rlim_cur : option Z) (bytes : Z) (m : memory) : res memory :=
  _ ← throw_when (get_adjusted_rlimit_as rlim_cur <? bytes) input_error;
  _ ← throw_when (bytes <? Z.shiftl 512 20) input_error;
  Ok (set_settings bytes (m_safe_sync m) (m_timeout_sync m) (m_preload_type m) (m_preload_min_size m) (m_preload_required_rate m) m).

Definition account_memory_block (bytes : Z) (m : memory) : memory :=
  set_usage (u64 (m_memory_usage m + bytes)) (u32 (m_memory_block_count m + 1)) m.

Definition release_memory_block (bytes : Z) (m : memory) : res memory :=
  let previous_usage := m_memory_usage m in
  let previous_count := m_memory_block_count m in
  let m := set_usage (u64 (previous_usage - bytes)) (u32 (previous_count - 1)) m in
  _ ← throw_when (previous_count =? 0) internal_error;
  _ ← throw_when (previous_usage <? bytes) internal_error;
  Ok m.

Definition sync_safe_free_diskspace (m : memory) : Z := u64 (m_memory_usage m + Z.shiftl 512 20).

Definition set_safe_sync (state : bool) (m : memory) : memory :=
  set_settings (m_max_memory_usage m) state (m_timeout_sync m) (m_preload_type m) (m_preload_min_size m) (m_preload_required_rate m) m.

Definition set_timeout_sync (seconds : Z) (m : memory) : res memory :=
  _ ← throw_when (3600 <? seconds) input_error;
  Ok (set_settings (m_max_memory_usage m) (m_safe_sync m) seconds (m_preload_type m) (m_preload_min_size m) (m_preload_required_rate m) m).

Definition set_preload_type (type : Z) (m : memory) : res memory :=
  _ ← throw_when (2 <? type) input_error;
  Ok (set_settings (m_max_memory_usage m) (m_safe_sync m) (m_timeout_sync m) type (m_preload_min_size m) (m_preload_required_rate m) m).

Definition set_preload_min_size (bytes : Z) (m : memory) : res memory :=
  _ ← throw_when (bytes <? Z.shiftl 1 10) input_error;
  Ok (set_settings (m_max_memory_usage m) (m_safe_sync m) (m_timeout_sync m) (m_preload_type m) bytes (m_preload_required_rate m) m).

Definition set_preload_required_rate (bytes : Z) (m : memory) : res memory :=
  _ ← throw_when (bytes <? Z.shiftl 1 10) input_error;
  Ok (set_settings (m_max_memory_usage m) (m_safe_sync m) (m_timeout_sync m) (m_preload_type m) (m_preload_min_size m) bytes m).

Definition account_sync_queue (bytes : Z) (m : memory) : memory :=
  set_sync_queue (u32 (m_sync_queue_block_count m + 1)) (u64 (m_sync_queue_memory_usage m + bytes)) m.

Definition release_sync_queue (count chunk_size : Z) (m : memory) : res memory :=
  let bytes := u64 (count * chunk_size) in
  let previous_usage := m_sync_queue_memory_usage m in
  let previous_count := m_sync_queue_block_count m in
  let m := set_sync_queue (u32 (previous_count - count)) (u64 (previous_usage - bytes)) m in
  _ ← throw_when (previous_count <? count) internal_error;
  _ ← throw_when (previous_usage <? bytes) internal_error;
  Ok m.

Definition set_stats (preloaded not_preloaded : Z) (m : memory) : memory :=
  Memory (m_memory_usage m) (m_memory_block_count m) (m_max_memory_usage m) (m_sync_queue_block_count m) (m_sync_queue_memory_usage m) (m_safe_sync m)
    (m_timeout_sync m) (m_preload_type m) (m_preload_min_size m) (m_preload_required_rate m) preloaded not_preloaded.
Definition increment_stats_preloaded (m : memory) : memory := set_stats (u32 (m_stats_preloaded m + 1)) (m_stats_not_preloaded m) m.
Definition increment_stats_not_preloaded (m : memory) : memory := set_stats (m_stats_preloaded m) (u32 (m_stats_not_preloaded m + 1)) m.
End MemoryManager.

Module ChunkList.
Import MemoryManager.

(** ** Nodes *)

Definition prot_read : Z := 1.
Definition prot_write : Z := 2.

(** A chunk is its permissions; [None] is a null pointer. *)
Record ChunkListNode := Node {
  m_chunk : option Z;
  m_references : Z;
  m_writable : Z;
  m_blocking : Z;
  m_async_triggered : bool;
  m_time_modified : Z;
  m_time_preloaded : Z }.

Definition new_node : ChunkListNode := Node None 0 0 0 false 0 0.

Definition is_valid (n : ChunkListNode) : bool := bool_decide (is_Some (m_chunk n)).
Definition set_chunk (c : option Z) (n : ChunkListNode) : ChunkListNode :=
  Node c (m_references n) (m_writable n) (m_blocking n) (m_async_triggered n) (m_time_modified n) (m_time_preloaded n).
Definition set_time_modified (t : Z) (n : ChunkListNode) : ChunkListNode :=
  Node (m_chunk n) (m_references n) (m_writable n) (m_blocking n) (m_async_triggered n) t (m_time_preloaded n).
Definition set_time_preloaded (t : Z) (n : ChunkListNode) : ChunkListNode :=
  Node (m_chunk n) (m_references n) (m_writable n) (m_blocking n) (m_async_triggered n) (m_time_modified n) t.
Definition set_sync_triggered (v : bool) (n : ChunkListNode) : ChunkListNode :=
  Node (m_chunk n) (m_references n) (m_writable n) (m_blocking n) v (m_time_modified n) (m_time_preloaded n).
Definition set_counts (r w b : Z) (n : ChunkListNode) : ChunkListNode :=
  Node (m_chunk n) r w b (m_async_triggered n) (m_time_modified n) (m_time_preloaded n).

(** The counters are of type [int]: counting past its end is undefined. *)
Definition int_inc (n : Z) : res Z := _ ← ub_when (2 ^ 31 - 1 <=? n); Ok (n + 1).
Definition int_dec (n : Z) : res Z := _ ← ub_when (n <=? - 2 ^ 31); Ok (n - 1).

Definition inc_references (n : ChunkListNode) : res ChunkListNode :=
  r ← int_inc (m_references n); Ok (set_counts r (m_writable n) (m_blocking n) n).
Definition dec_references (n : ChunkListNode) : res ChunkListNode :=
  r ← int_dec (m_references n); Ok (set_counts r (m_writable n) (m_blocking n) n).
Definition inc_writable (n : ChunkListNode) : res ChunkListNode :=
  r ← int_inc (m_writable n); Ok (set_counts (m_references n) r (m_blocking n) n).
Definition dec_writable (n : ChunkListNode) : res ChunkListNode :=
  r ← int_dec (m_writable n); Ok (set_counts (m_references n) r (m_blocking n) n).
Definition inc_blocking (n : ChunkListNode) : res ChunkListNode :=
  r ← int_inc (m_blocking n); Ok (set_counts (m_references n) (m_writable n) r n).
Definition dec_blocking (n : ChunkListNode) : res ChunkListNode :=
  r ← int_dec (m_blocking n); Ok (set_counts (m_references n) (m_writable n) r n).
Definition dec_rw (n : ChunkListNode) : res ChunkListNode := n ← dec_writable n; dec_references n.

(** ** Lists and the manager *)

(** [m_manager] is whether the list knows its manager; the pointer is null
    before it is put into one. *)
Record chunk_list := List { nodes : list ChunkListNode; m_queue : list nat; m_chunk_size : Z; m_manager : bool }.

(** A handle that somebody holds: its list, its node, whether it is for
    writing and whether it blocks. *)
Record held := Held { d_list : nat; d_node : nat; d_writable : bool; d_blocking : bool }.
#[export] Instance held_eq_dec : EqDecision held.
Proof. solve_decision. Defined.

(** The lists, the lists in the manager, the memory, the downloads that heard
    of a storage error so far, and the handles that connections, the hash
    queue and the hash checker hold. *)

Record world := World {
  w_lists : gmap nat chunk_list;
  w_manager : list nat;
  m_last_try_free_memory : Z;
  m_last_freed_index : Z;
  w_memory : memory;
  w_errors : list nat;
  w_held : list held }.

Definition set_lists (l : gmap nat chunk_list) (w : world) : world :=
  World l (w_manager w) (m_last_try_free_memory w) (m_last_freed_index w) (w_memory w) (w_errors w) (w_held w).
Definition set_manager (l : list nat) (w : world) : world :=
  World (w_lists w) l (m_last_try_free_memory w) (m_last_freed_index w) (w_memory w) (w_errors w) (w_held w).
Definition set_last_try (t : Z) (w : world) : world :=
  World (w_lists w) (w_manager w) t (m_last_freed_index w) (w_memory w) (w_errors w) (w_held w).
Definition set_last_freed (i : Z) (w : world) : world :=
  World (w_lists w) (w_manager w) (m_last_try_free_memory w) i (w_memory w) (w_errors w) (w_held w).
Definition set_memory (m : memory) (w : world) : world :=
  World (w_lists w) (w_manager w) (m_last_try_free_memory w) (m_last_freed_index w) m (w_errors w) (w_held w).
Definition set_held (hs : list held) (w : world) : world :=
  World (w_lists w) (w_manager w) (m_last_try_free_memory w) (m_last_freed_index w) (w_memory w) (w_errors w) hs.

Definition get_list (id : nat) (w : world) : res chunk_list := of_deref (w_lists w !! id).
Definition set_list (id : nat) (l : chunk_list) (w : world) : world := set_lists (<[id := l]> (w_lists w)) w.

Definition get_node (id i : nat) (w : world) : res ChunkListNode := l ← get_list id w; of_deref (nodes l !! i).
Definition set_node (id i : nat) (n : ChunkListNode) (w : world) : world :=
  match w_lists w !! id with
  | Some l => set_list id (List (<[i := n]> (nodes l)) (m_queue l) (m_chunk_size l) (m_manager l)) w
  | None => w
  end.
Definition set_queue (id : nat) (q : list nat) (w : world) : world :=
  match w_lists w !! id with
  | Some l => set_list id (List (nodes l) q (m_chunk_size l) (m_manager l)) w
  | None => w
  end.

(** What the calls read of the outside: the clock, the free space of the disks
    of a download, whether syncing a chunk succeeds, and what mapping a chunk
    gives, for hashing or not, or the error number. *)
Record environment := Env {
  env_now : Z;
  env_free_diskspace : nat -> Z;
  env_sync : nat -> nat -> Z -> bool;
  env_create : nat -> nat -> bool -> Z -> Z + Z }.

Definition sync_all : Z := 1.
Definition sync_force : Z := 2.
Definition sync_safe : Z := 4.
Definition sync_sloppy : Z := 8.
Definition sync_use_timeout : Z := 16.
Definition sync_ignore_error : Z := 32.

Definition get_writable : Z := 1.
Definition get_blocking : Z := 2.
Definition get_nonblock : Z := 4.
Definition get_hashing : Z := 8.
Definition get_not_hashing : Z := 16.
Definition get_dont_log : Z := 32.

Definition has (flags f : Z) : bool := negb (Z.land flags f =? 0).

(** [MS_ASYNC] and [MS_SYNC] *)
Definition sync_async : Z := 1.
Definition sync_sync : Z := 4.

Definition ENOENT : Z := 2.
Definition EAGAIN : Z := 11.
Definition ENOMEM : Z := 12.

Record ChunkHandle := Handle { h_node : option (nat * nat); h_writable : bool; h_blocking : bool; h_errno : Z }.
Definition from_error (err : Z) : ChunkHandle := Handle None false false (if err =? 0 then ENOENT else err).

Section list.
Context (env : environment).

Definition is_queued (i : nat) (l : chunk_list) : bool := bool_decide (i ∈ m_queue l).

(** [has_permissions] of the chunk of a valid node; [at] throws out of range. *)
Definition has_chunk (id i : nat) (prot : Z) (w : world) : res bool :=
  l ← get_list id w;
  match nodes l !! i with
  | None => Throw out_of_range
  | Some n => Ok (match m_chunk n with Some p => Z.land prot (Z.lnot p) =? 0 | None => false end)
  end.

Definition resize (id : nat) (to_size : nat) (w : world) : res world :=
  l ← get_list id w;
  _ ← throw_when (negb (length (nodes l) =? 0)%nat) internal_error;
  Ok (set_list id (List (replicate to_size new_node) (m_queue l) (m_chunk_size l) (m_manager l)) w).

Definition deallocate (size : Z) (w : world) : res world := m ← release_memory_block size (w_memory w); Ok (set_memory m w).

Definition clear_chunk (id i : nat) (w : world) : res world :=
  n ← get_node id i w;
  _ ← throw_when (negb (is_valid n)) internal_error;
  l ← get_list id w;
  _ ← ub_when (negb (m_manager l));
  deallocate (m_chunk_size l) (set_node id i (set_chunk None n) w).

(** ** Clearing *)

Fixpoint clear_queue (id : nat) (q : list nat) (w : world) : res world :=
  match q with
  | [] => Ok w
  | i :: q =>
    n ← get_node id i w;
    _ ← throw_when (negb (m_references n =? 1) || negb (m_writable n =? 1)) internal_error;
    n ← dec_rw n;
    w ← clear_chunk id i (set_node id i n w);
    clear_queue id q w
  end.

Definition clear (id : nat) (w : world) : res world :=
  l ← get_list id w;
  w ← clear_queue id (m_queue l) w;
  m ← release_sync_queue (u32 (zlen (m_queue l))) (m_chunk_size l) (w_memory w);
  let w := set_queue id [] (set_memory m w) in
  l ← get_list id w;
  _ ← throw_when (existsb is_valid (nodes l)) internal_error;
  _ ← throw_when (existsb (fun n => negb (m_references n =? 0)) (nodes l)) internal_error;
  _ ← throw_when (existsb (fun n => negb (m_writable n =? 0)) (nodes l)) internal_error;
  _ ← throw_when (existsb (fun n => negb (m_blocking n =? 0)) (nodes l)) internal_error;
  Ok (set_list id (List [] [] (m_chunk_size l) (m_manager l)) w).

(** ** Syncing *)

Definition sync_options (n : ChunkListNode) (flags : Z) : Z * bool :=
  if has flags sync_force then (if has flags sync_safe then sync_sync else sync_async, true)
  else if has flags sync_safe then if m_async_triggered n then (sync_sync, true) else (sync_async, false)
  else (sync_async, true).

Definition sync_chunk (id i : nat) (options : Z * bool) (w : world) : res (bool * world) :=
  n ← get_node id i w;
  _ ← throw_when ((m_references n <=? 0) || (m_writable n <=? 0)) internal_error;
  _ ← ub_when (negb (is_valid n));
  if negb (env_sync env id i (fst options)) then Ok (false, w)
  else
    let n := set_sync_triggered true n in
    let w := set_node id i n w in
    if negb (snd options) then Ok (true, w)
    else
      n ← dec_rw n;
      let w := set_node id i n w in
      w ← (if m_references n =? 0 then clear_chunk id i w else Ok w);
      Ok (true, w).

(** [std::iter_swap] *)
Definition swap (a b : nat) (q : list nat) : list nat :=
  match q !! a, q !! b with Some x, Some y => <[b := x]> (<[a := y]> q) | _, _ => q end.

(** The loop of [sync_chunks] over the positions from [itr]; the result is the
    queue, the place where the chunks that are done start, the number of
    failures and the world. *)
Fixpoint sync_loop (id : nat) (flags : Z) (steps itr split : nat) (failed : Z) (q : list nat) (w : world) : res (list nat * nat * Z * world) :=
  match steps with
  | O => Ok (q, split, failed, w)
  | S steps =>
    i ← of_deref (q !! itr);
    n ← get_node id i w;
    let options := sync_options n flags in
    '(done, w) ← sync_chunk id i options w;
    if negb done then sync_loop id flags steps (S itr) (S split) (u32 (failed + 1)) (swap itr split q) w
    else if negb (snd options) then sync_loop id flags steps (S itr) (S split) failed (swap itr split q) w
    else sync_loop id flags steps (S itr) split failed q w
  end.

(** [seek_range] from a position that is in the queue; the indices of nodes
    are 32-bit numbers. *)
Fixpoint seek_loop (prev : Z) (first : nat) (l : list nat) : nat :=
  match l with
  | [] => first
  | i :: l => if 5 <? u32 (Z.of_nat i - prev) then first else seek_loop (Z.of_nat i) (S first) l
  end.
Definition seek_range (first : nat) (q : list nat) : res nat :=
  i ← of_deref (q !! first); Ok (seek_loop (Z.of_nat i) (S first) (drop (S first) q)).

Definition check_node (id i : nat) (w : world) : res bool :=
  n ← get_node id i w;
  Ok (negb (m_time_modified n =? 0) && (m_time_modified n + seconds (m_timeout_sync (w_memory w)) <? env_now env)).

Fixpoint any_of (p : nat -> res bool) (l : list nat) : res bool :=
  match l with [] => Ok false | i :: l => b ← p i; if b : bool then Ok true else any_of p l end.

(** [std::swap_ranges(first, first + l, range - l)] *)
Fixpoint swap_ranges (l first other : nat) (q : list nat) : list nat :=
  match l with O => q | S l => swap_ranges l (S first) (S other) (swap first other q) end.

(** [partition_optimize] on the whole queue, from its position [first]; the
    weight is an [int].  Each turn takes a range that is not empty, so the
    length of the queue is enough fuel. *)
Fixpoint partition_loop (id : nat) (w : world) (fuel itr first : nat) (weight : Z) (maxDistance : Z) (dontSkip : bool) (q : list nat)
    : res (nat * list nat) :=
  if (length q <=? itr)%nat then Ok (if negb dontSkip && (0 <? weight) then length q else first, q)
  else
    match fuel with
    | O => UB
    | S fuel =>
      range ← seek_range itr q;
      required ← any_of (fun i => check_node id i w) (take (range - itr) (drop itr q));
      let dontSkip := dontSkip || required in
      if negb required && (Z.of_nat (range - itr) <? maxDistance) then
        let l := Nat.min (range - itr) (itr - first) in
        partition_loop id w fuel range (first + l) weight maxDistance dontSkip (swap_ranges l first (range - l) q)
      else
        let weight := weight - Z.of_nat (range - itr) * Z.of_nat (range - itr) in
        partition_loop id w fuel range first (s32 weight) maxDistance dontSkip q
    end.
Definition partition_optimize (id : nat) (w : world) (first : nat) (weight maxDistance : Z) (dontSkip : bool) (q : list nat) : res (nat * list nat) :=
  partition_loop id w (length q) first first weight maxDistance dontSkip q.

(** The addresses of nodes are in the order of their places. *)
Definition sort_from (split : nat) (q : list nat) : list nat := take split q ++ merge_sort (≤)%nat (drop split q).

(** [std::stable_partition] puts the nodes that are written to by others first. *)
Fixpoint partition_writable (id : nat) (w : world) (q : list nat) : res (list nat * list nat) :=
  match q with
  | [] => Ok ([], [])
  | i :: q =>
    n ← get_node id i w;
    '(a, b) ← partition_writable id w q;
    Ok (if negb (m_writable n =? 1) then (i :: a, b) else (a, i :: b))
  end.

Definition choose_flags (id : nat) (flags : Z) (m : memory) : Z :=
  if has flags (Z.lor sync_safe sync_sloppy) then flags
  else if m_safe_sync m then Z.lor flags sync_safe
  else if env_free_diskspace env id <=? sync_safe_free_diskspace m then Z.lor flags sync_safe
  else Z.lor flags sync_force.

(** [sync_chunks] up to its last lines, which tell the download of a failure. *)
Definition sync_queue (id : nat) (flags : Z) (w : world) : res (Z * world) :=
  l ← get_list id w;
  if (length (m_queue l) =? 0)%nat then Ok (0, w)
  else
    '(split, q) ← (if has flags sync_all then Ok (0%nat, m_queue l)
                   else '(a, b) ← partition_writable id w (m_queue l); Ok (length a, a ++ b));
    let q := sort_from split q in
    let flags := choose_flags id flags (w_memory w) in
    '(split, q) ← (if has flags sync_use_timeout && negb (has flags sync_force) then partition_optimize id w split 50 5 false q
                   else Ok (split, q));
    '(q, split, failed, w) ← sync_loop id flags (length q - split) split split 0 q w;
    m ← release_sync_queue (u32 (Z.of_nat (length q - split))) (m_chunk_size l) (w_memory w);
    Ok (failed, set_queue id (take split q) (set_memory m w)).

(** ** Releasing a handle *)

(** A handle of another list is refused; the handle is cleared. *)
Definition release (id : nat) (h : ChunkHandle) (w : world) : res world :=
  match h_node h with
  | None => Throw internal_error
  | Some (id', i) =>
    l ← get_list id w;
    _ ← ub_when (length (nodes l) =? 0)%nat;
    _ ← throw_when (negb (bool_decide (id' = id)) || (length (nodes l) <=? i)%nat) internal_error;
    n ← get_node id i w;
    _ ← throw_when ((m_references n <=? 0) || (h_writable h && (m_writable n <=? 0)) || (h_blocking h && (m_blocking n <=? 0))) internal_error;
    n ← (if h_blocking h then dec_blocking n else Ok n);
    let w := set_node id i n w in
    if h_writable h then
      if m_writable n =? 1 then
        _ ← throw_when (is_queued i l) internal_error;
        let w := set_queue id (m_queue l ++ [i]) w in
        Ok (set_memory (account_sync_queue (m_chunk_size l) (w_memory w)) w)
      else n ← dec_rw n; Ok (set_node id i n w)
    else
      n ← dec_references n;
      let w := set_node id i n w in
      if m_references n =? 0 then
        _ ← throw_when (is_queued i l) internal_error;
        clear_chunk id i w
      else Ok w
  end.

(** ** Storage errors *)

Definition handle_of (h : held) : ChunkHandle := Handle (Some (d_list h, d_node h)) (d_writable h) (d_blocking h) 0.

Fixpoint release_all (hs : list held) (w : world) : res world :=
  match hs with [] => Ok w | h :: hs => w ← release (d_list h) (handle_of h) w; release_all hs w end.

Definition of_list (id : nat) (h : held) : bool := (d_list h =? id)%nat.

(** The slot for storage errors is [DownloadWrapper::receive_storage_error]: the
    download is stopped and closed.  Its connections, the hash checker and the
    hash queue let go of the handles they hold, what is in the queue is synced
    with errors ignored, and the list is cleared.  The error is recorded. *)
Definition storage_error (id : nat) (w : world) : res world :=
  let hs := List.filter (of_list id) (w_held w) in
  let w := World (w_lists w) (w_manager w) (m_last_try_free_memory w) (m_last_freed_index w) (w_memory w) (w_errors w ++ [id])
             (List.filter (fun h => negb (of_list id h)) (w_held w)) in
  w ← release_all hs w;
  '(_, w) ← sync_queue id (Z.lor (Z.lor sync_all sync_force) (Z.lor sync_sloppy sync_ignore_error)) w;
  clear id w.

(** The flags that [sync_queue] adds are not those for errors. *)
Definition sync_chunks (id : nat) (flags : Z) (w : world) : res (Z * world) :=
  '(failed, w) ← sync_queue id flags w;
  w ← (if negb (failed =? 0) && negb (has flags sync_ignore_error) then storage_error id w else Ok w);
  Ok (failed, w).

(** ** The manager *)

(** The loop of [sync_all] of the manager: a visit of every list at most. *)
Fixpoint sync_lists (flags target : Z) (steps itr stop : nat) (w : world) : res world :=
  match steps with
  | O => UB
  | S steps =>
    let itr := if (length (w_manager w) <=? itr)%nat then 0%nat else itr in
    id ← of_deref (w_manager w !! itr);
    '(_, w) ← sync_chunks id flags w;
    let itr := S itr in
    if (itr =? stop)%nat || (m_memory_usage (w_memory w) <? target) then Ok (set_last_freed (Z.of_nat itr) w)
    else sync_lists flags target steps itr stop w
  end.

Definition manager_sync_all (flags target : Z) (w : world) : res world :=
  if (length (w_manager w) =? 0)%nat then Ok w
  else
    let last := u32 (m_last_freed_index w `mod` zlen (w_manager w) + 1) in
    let w := set_last_freed last w in
    sync_lists flags target (length (w_manager w)) (Z.to_nat last) (Z.to_nat last) w.

Definition periodic_sync (w : world) : res world := manager_sync_all sync_use_timeout 0 w.

Definition try_free_memory (size : Z) (w : world) : res world :=
  let now := env_now env ÷ 1000000 in
  if now <? m_last_try_free_memory w + 10 then Ok w
  else
    let usage := m_memory_usage (w_memory w) in
    w ← manager_sync_all 0 (u64 (usage - Z.min size usage)) w;
    Ok (set_last_try now w).

Definition allocate (size : Z) (w : world) : res (bool * world) :=
  let memory_usage := m_memory_usage (w_memory w) in
  let max_memory_usage := m_max_memory_usage (w_memory w) in
  w ← (if u64 (3 * max_memory_usage) / 4 <? u64 (memory_usage + size) then try_free_memory (max_memory_usage / 4) w else Ok w);
  if max_memory_usage <? u64 (memory_usage + size) then Ok (false, w)
  else Ok (true, set_memory (account_memory_block size (w_memory w)) w).

(** [set_manager] of a list. *)
Definition know_manager (id : nat) (b : bool) (w : world) : res world :=
  l ← get_list id w; Ok (set_list id (List (nodes l) (m_queue l) (m_chunk_size l) b) w).

Definition manager_insert (id : nat) (w : world) : res world :=
  w ← know_manager id true w; Ok (set_manager (w_manager w ++ [id]) w).

Definition manager_erase (id : nat) (w : world) : res world :=
  l ← get_list id w;
  _ ← throw_when (negb (length (m_queue l) =? 0)%nat) internal_error;
  match list_find (fun i => i = id) (w_manager w) with
  | None => Throw internal_error
  | Some (itr, _) =>
    let last := (length (w_manager w) - 1)%nat in
    know_manager id false (set_manager (take last (swap itr last (w_manager w))) w)
  end.

(** ** Handles *)

Definition get (id i : nat) (flags : Z) (w : world) : res (ChunkHandle * world) :=
  l ← get_list id w;
  match nodes l !! i with
  | None => Throw out_of_range
  | Some n =>
    let prot_flags := Z.lor prot_read (if has flags get_writable then prot_write else 0) in
    let finish (n : ChunkListNode) (w : world) : res (ChunkHandle * world) :=
      n ← inc_references n;
      n ← (if has flags get_writable then n ← inc_writable n; Ok (set_sync_triggered false n) else Ok n);
      n ← (if has flags get_blocking then inc_blocking n else Ok n);
      Ok (Handle (Some (id, i)) (has flags get_writable) (has flags get_blocking) 0, set_node id i n w) in
    match m_chunk n with
    | None =>
      _ ← ub_when (negb (m_manager l));
      '(done, w) ← allocate (m_chunk_size l) w;
      if negb done then Ok (from_error ENOMEM, w)
      else
        _ ← throw_when (negb (has flags get_hashing) && negb (has flags get_not_hashing)) internal_error;
        match env_create env id i (has flags get_hashing) prot_flags with
        | inr err => w ← deallocate (m_chunk_size l) w; Ok (from_error err, w)
        | inl chunk =>
          n ← get_node id i w;
          finish (set_time_modified 0 (set_chunk (Some chunk) n)) w
        end
    | Some p =>
      if has flags get_writable && negb (has p prot_write) then
        if negb (m_blocking n =? 0) then
          if has flags get_nonblock then Ok (from_error EAGAIN, w) else Throw internal_error
        else
          match env_create env id i false prot_flags with
          | inr err => Ok (from_error err, w)
          | inl chunk => finish (set_time_modified 0 (set_chunk (Some chunk) n)) w
          end
      else finish n w
    end
  end.
End list.

(** ** Sums over the lists *)

Definition total (f : chunk_list -> Z) (m : gmap nat chunk_list) : Z := map_fold (fun _ l acc => f l + acc) 0 m.

Lemma total_new f m id l : m !! id = None -> total f (<[id := l]> m) = f l + total f m.
Proof. intros Hn. unfold total. rewrite map_fold_insert_L; [done|intros; lia|done]. Qed.

Lemma total_insert f m id l l' : m !! id = Some l -> total f (<[id := l']> m) = total f m - f l + f l'.
Proof.
  intros Hl. pose proof (total_new f (delete id m) id l (lookup_delete_eq _ _)) as E1.
  pose proof (total_new f (delete id m) id l' (lookup_delete_eq _ _)) as E2.
  rewrite insert_delete_id in E1 by done. rewrite insert_delete_eq in E2. lia.
Qed.

Lemma total_le f g m : (forall id l, m !! id = Some l -> f l <= g l) -> total f m <= total g m.
Proof.
  induction m as [|id l m Hn IH] using map_ind; intros Hfg; [done|]. rewrite !total_new by done.
  pose proof (Hfg id l (lookup_insert_eq _ _ _)). assert (total f m <= total g m); [|lia].
  apply IH. intros j k Hj. apply (Hfg j). rewrite lookup_insert_ne; [done|]. intros ->. congruence.
Qed.

Lemma total_nonneg f m : (forall id l, m !! id = Some l -> 0 <= f l) -> 0 <= total f m.
Proof.
  intros Hf. assert (H0 : total (fun _ => 0) m = 0).
  { induction m as [|id l m Hn IH] using map_ind; [done|]. rewrite total_new by done. rewrite IH; [done|].
    intros j k Hj. apply (Hf j). rewrite lookup_insert_ne; [done|]. intros ->. congruence. }
  rewrite <- H0. by apply total_le.
Qed.

Lemma total_elem f m id l : (forall id l, m !! id = Some l -> 0 <= f l) -> m !! id = Some l -> f l <= total f m.
Proof.
  intros Hf Hl. rewrite <- (insert_delete_id m id l Hl), total_new by (by rewrite lookup_delete_eq).
  assert (0 <= total f (delete id m)); [|lia]. apply total_nonneg. intros j k Hj. apply lookup_delete_Some in Hj as [_ Hj]. by eapply Hf.
Qed.

(** ** What the counters mean *)

Definition on (id i : nat) (h : held) : bool := (d_list h =? id)%nat && (d_node h =? i)%nat.
Definition refs (hs : list held) (id i : nat) : Z := Z.of_nat (count (on id i) hs).
Definition writers (hs : list held) (id i : nat) : Z := Z.of_nat (count (fun h => on id i h && d_writable h) hs).
Definition blockers (hs : list held) (id i : nat) : Z := Z.of_nat (count (fun h => on id i h && d_blocking h) hs).

(** A node is referenced by the handles on it and by the queue; it has a chunk
    exactly then, and one that can be written to if anybody may. *)
Record node_ok (refs writers blockers : Z) (n : ChunkListNode) : Prop := {
  no_refs : m_references n = refs;
  no_writers : m_writable n = writers;
  no_blockers : m_blocking n = blockers;
  no_valid : is_valid n = (0 <? refs);
  no_prot p : m_chunk n = Some p -> 0 < writers -> has p prot_write = true;
}.

(** A list with the nodes [q] in its queue. *)
Record list_ok (hs : list held) (id : nat) (q : list nat) (l : chunk_list) : Prop := {
  lo_nodup : NoDup q;
  lo_queue i : i ∈ q -> (i < length (nodes l))%nat;
  lo_node i n : nodes l !! i = Some n ->
    node_ok (refs hs id i + b2z (bool_decide (i ∈ q))) (writers hs id i + b2z (bool_decide (i ∈ q))) (blockers hs id i) n;
}.

Definition mapped (l : chunk_list) : Z := Z.of_nat (count is_valid (nodes l)).
Definition queued (l : chunk_list) : Z := zlen (m_queue l).

(** The accounts of the memory manager; a list with chunks is in the manager. *)
Record memory_ok (w : world) : Prop := {
  mo_size id l : w_lists w !! id = Some l -> 0 < m_chunk_size l < 2 ^ 32;
  mo_usage : m_memory_usage (w_memory w) = total (fun l => m_chunk_size l * mapped l) (w_lists w);
  mo_count : m_memory_block_count (w_memory w) = total mapped (w_lists w);
  mo_nodes : total (fun l => zlen (nodes l)) (w_lists w) < 2 ^ 32;
  mo_bytes : total (fun l => m_chunk_size l * zlen (nodes l)) (w_lists w) < 2 ^ 64;
  mo_managed id l : w_lists w !! id = Some l -> 0 < mapped l -> m_manager l = true;
}.
Record sync_ok (w : world) : Prop := {
  so_count : m_sync_queue_block_count (w_memory w) = total queued (w_lists w);
  so_bytes : m_sync_queue_memory_usage (w_memory w) = total (fun l => m_chunk_size l * queued l) (w_lists w);
}.

Record world_ok (hs : list held) (w : world) : Prop := {
  wo_lists id l : w_lists w !! id = Some l -> list_ok hs id (m_queue l) l;
  wo_memory : memory_ok w;
  wo_sync : sync_ok w;
  wo_handles h : h ∈ hs -> exists l, w_lists w !! d_list h = Some l /\ (d_node h < length (nodes l))%nat;
  wo_few : zlen hs < 2 ^ 31 - 1;
  wo_manager id : id ∈ w_manager w -> is_Some (w_lists w !! id);
  wo_many : zlen (w_manager w) < 2 ^ 32 - 1;
  wo_unique : NoDup (w_manager w);
  wo_managed id l : w_lists w !! id = Some l -> id ∈ w_manager w <-> m_manager l = true;
}.

Lemma refs_bound hs id i : 0 <= writers hs id i <= refs hs id i /\ 0 <= blockers hs id i <= refs hs id i /\ refs hs id i <= zlen hs.
Proof.
  unfold refs, writers, blockers, zlen. split_and!; [lia| |lia| |].
  - apply inj_le, count_impl, Forall_true. intros h. by destruct (on id i h).
  - apply inj_le, count_impl, Forall_true. intros h. by destruct (on id i h).
  - apply inj_le, count_le.
Qed.

(** ** Nodes of a world *)

Lemma get_list_eq id w l : w_lists w !! id = Some l -> get_list id w = Ok l.
Proof. intros Hl. unfold get_list. by rewrite Hl. Qed.

Lemma get_node_eq id i w l n : w_lists w !! id = Some l -> nodes l !! i = Some n -> get_node id i w = Ok n.
Proof. intros Hl Hn. unfold get_node, get_list. rewrite Hl. cbn [of_deref mbind res_bind]. by rewrite Hn. Qed.

Definition with_node (i : nat) (n : ChunkListNode) (l : chunk_list) : chunk_list := List (<[i := n]> (nodes l)) (m_queue l) (m_chunk_size l) (m_manager l).

Lemma set_node_eq id i n w l : w_lists w !! id = Some l -> set_node id i n w = set_list id (with_node i n l) w.
Proof. intros Hl. unfold set_node. by rewrite Hl. Qed.

Lemma set_list_lists id l w : w_lists (set_list id l w) !! id = Some l.
Proof. cbn. apply lookup_insert_eq. Qed.

Lemma set_list_twice id l l' w : set_list id l (set_list id l' w) = set_list id l w.
Proof. unfold set_list, set_lists. cbn. by rewrite insert_insert_eq. Qed.

Lemma set_list_memory id l m w : set_list id l (set_memory m w) = set_memory m (set_list id l w).
Proof. done. Qed.

Lemma mapped_insert l i n n' : nodes l !! i = Some n -> mapped (with_node i n' l) = mapped l - b2z (is_valid n) + b2z (is_valid n').
Proof.
  intros Hn. unfold mapped. cbn [nodes with_node]. pose proof (count_insert is_valid (nodes l) i n n' Hn) as E.
  unfold b2z. destruct (is_valid n), (is_valid n'); lia.
Qed.

Lemma with_node_twice i n n' l : with_node i n (with_node i n' l) = with_node i n l.
Proof. unfold with_node. cbn. by rewrite list_insert_insert_eq. Qed.

(** ** Changes of one list and of the memory that is used *)

Definition adjusted (w w' : world) : Prop :=
  exists usage count, w' = World (w_lists w') (w_manager w) (m_last_try_free_memory w) (m_last_freed_index w)
    (set_usage usage count (w_memory w)) (w_errors w) (w_held w).

#[export] Instance adjusted_refl : Reflexive adjusted.
Proof. intros w. exists (m_memory_usage (w_memory w)), (m_memory_block_count (w_memory w)). destruct w as [? ? ? ? [] ? ?]. done. Qed.

#[export] Instance adjusted_trans : Transitive adjusted.
Proof. intros a b c (u1 & c1 & E1) (u2 & c2 & E2). exists u2, c2. rewrite E2, E1. done. Qed.

Lemma adjusted_list id l w : adjusted w (set_list id l w).
Proof. exists (m_memory_usage (w_memory w)), (m_memory_block_count (w_memory w)). destruct w as [? ? ? ? [] ? ?]. done. Qed.

Lemma mapped_bounds l : 0 <= mapped l <= zlen (nodes l).
Proof. unfold mapped, zlen. pose proof (count_le is_valid (nodes l)). lia. Qed.

Lemma memory_bounds w : memory_ok w ->
  0 <= m_memory_usage (w_memory w) < 2 ^ 64 /\ 0 <= m_memory_block_count (w_memory w) < 2 ^ 32.
Proof.
  intros [Hs Hu Hc Hn Hb _]. rewrite Hu, Hc. split; split.
  - apply total_nonneg. intros id l Hl. pose proof (Hs id l Hl). pose proof (mapped_bounds l). nia.
  - eapply Z.le_lt_trans; [|exact Hb]. apply total_le. intros id l Hl. pose proof (Hs id l Hl). pose proof (mapped_bounds l). nia.
  - apply total_nonneg. intros id l Hl. apply mapped_bounds.
  - eapply Z.le_lt_trans; [|exact Hn]. apply total_le. intros id l Hl. apply mapped_bounds.
Qed.

Lemma memory_list w id l l' : memory_ok w -> w_lists w !! id = Some l -> m_chunk_size l' = m_chunk_size l ->
  length (nodes l') = length (nodes l) -> m_manager l' = m_manager l -> (mapped l' <= mapped l \/ m_manager l = true) -> forall usage count,
  usage = m_memory_usage (w_memory w) + m_chunk_size l * (mapped l' - mapped l) ->
  count = m_memory_block_count (w_memory w) + (mapped l' - mapped l) ->
  forall w', w_lists w' = <[id := l']> (w_lists w) -> m_memory_usage (w_memory w') = usage -> m_memory_block_count (w_memory w') = count -> memory_ok w'.
Proof.
  intros [Hs Hu Hc Hn Hb Hg] Hl Hsz Hlen Hmg Hle usage cnt -> -> w' Hw' Eu Ec.
  constructor; [| | | | |rewrite Hw'; intros j k Hj Hk; apply lookup_insert_Some in Hj as [[<- <-]|[_ Hj]]; [|by eapply Hg];
    rewrite Hmg; destruct Hle as [Hle|Hle]; [apply (Hg id l Hl); lia|done]]; rewrite ?Hw', ?Eu, ?Ec, ?(total_insert _ _ id l l' Hl); unfold zlen in *; rewrite ?Hsz, ?Hlen, ?Hu, ?Hc; try lia.
  intros j k Hj. apply lookup_insert_Some in Hj as [[<- <-]|[_ Hj]]; [rewrite Hsz|]; by eapply Hs.
Qed.

Lemma mapped_pos l i n : nodes l !! i = Some n -> is_valid n = true -> 0 < mapped l.
Proof.
  intros Hn Hv. pose proof (count_insert is_valid (nodes l) i n new_node Hn) as E. rewrite Hv in E. cbn in E. unfold mapped. lia.
Qed.

Lemma release_block_ok w id l : memory_ok w -> w_lists w !! id = Some l -> 0 < mapped l ->
  exists m, release_memory_block (m_chunk_size l) (w_memory w) = Ok m /\
    m = set_usage (m_memory_usage (w_memory w) - m_chunk_size l) (m_memory_block_count (w_memory w) - 1) (w_memory w).
Proof.
  intros Hm Hl Hp. destruct (memory_bounds w Hm) as [Hu Hc]. destruct Hm as [Hs Eu Ec _ _ _].
  pose proof (Hs id l Hl) as Hsz. unfold release_memory_block.
  assert (H1 : mapped l <= total mapped (w_lists w)) by (apply (total_elem _ _ id); [intros; apply mapped_bounds|done]).
  assert (H2 : m_chunk_size l * mapped l <= total (fun l => m_chunk_size l * mapped l) (w_lists w)).
  { apply (total_elem (fun l => m_chunk_size l * mapped l) _ id); [|done]. intros j k Hj. pose proof (Hs j k Hj). pose proof (mapped_bounds k). nia. }
  rewrite (proj2 (Z.eqb_neq _ 0)) by lia. rewrite (proj2 (Z.ltb_ge _ _)) by nia. cbn [throw_when mbind res_bind].
  eexists. split; [reflexivity|]. rewrite u64_small, u32_small by nia. done.
Qed.

Lemma clear_chunk_ok id i w l n : memory_ok w -> w_lists w !! id = Some l -> nodes l !! i = Some n -> is_valid n = true ->
  exists w', clear_chunk id i w = Ok w' /\ w_lists w' = <[id := with_node i (set_chunk None n) l]> (w_lists w) /\ memory_ok w' /\ adjusted w w'.
Proof.
  intros Hm Hl Hn Hv. unfold clear_chunk. rewrite (get_node_eq id i w l n) by done. cbn [mbind res_bind]. rewrite Hv.
  cbn [negb throw_when mbind res_bind]. unfold get_list. rewrite Hl. cbn [of_deref mbind res_bind].
  rewrite (mo_managed _ Hm id l Hl (mapped_pos l i n Hn Hv)). cbn [negb ub_when mbind res_bind].
  rewrite (set_node_eq id i _ w l) by done. unfold deallocate.
  change (w_memory (set_list id (with_node i (set_chunk None n) l) w)) with (w_memory w).
  destruct (release_block_ok w id l Hm Hl (mapped_pos l i n Hn Hv)) as (m & -> & Em). cbn [mbind res_bind].
  eexists. split_and!; [reflexivity|done| |].
  - pose proof (mapped_insert l i n (set_chunk None n) Hn) as Hmap. rewrite Hv in Hmap. cbn in Hmap.
    eapply (memory_list w id l (with_node i (set_chunk None n) l)); [done|done|done|cbn; by rewrite length_insert|done|left; lia|reflexivity|reflexivity|done| |].
    + rewrite Em. cbn. lia.
    + rewrite Em. cbn. lia.
  - exists (m_memory_usage m), (m_memory_block_count m). subst m. done.
Qed.

(** A change of a node that keeps its chunk does not matter to the accounts. *)
Lemma memory_node w id l i n n' : memory_ok w -> w_lists w !! id = Some l -> nodes l !! i = Some n -> is_valid n' = is_valid n ->
  memory_ok (set_list id (with_node i n' l) w).
Proof.
  intros Hm Hl Hn Hv. pose proof (mapped_insert l i n n' Hn) as Hmap. rewrite Hv in Hmap.
  eapply (memory_list w id l (with_node i n' l)); [done|done|done|cbn; by rewrite length_insert|done|left; lia|reflexivity|reflexivity|done|cbn; lia|cbn; lia].
Qed.

(** ** Syncing a chunk *)

Lemma list_ok_perm hs id q q' l : q ≡ₚ q' -> list_ok hs id q l -> list_ok hs id q' l.
Proof.
  intros Hp [H1 H2 H3]. constructor; [by rewrite <- Hp| |].
  - intros i Hi. apply H2. by rewrite Hp.
  - intros i n Hn. specialize (H3 i n Hn). by rewrite (bool_decide_ext (i ∈ q') (i ∈ q)) by (by rewrite Hp).
Qed.

(** A node of a list is replaced, and the queue may change at that node. *)
Lemma list_ok_node hs id q q' l i n : list_ok hs id q l -> (i < length (nodes l))%nat -> NoDup q' ->
  (forall j, j <> i -> j ∈ q' <-> j ∈ q) ->
  node_ok (refs hs id i + b2z (bool_decide (i ∈ q'))) (writers hs id i + b2z (bool_decide (i ∈ q'))) (blockers hs id i) n ->
  list_ok hs id q' (with_node i n l).
Proof.
  intros [H1 H2 H3] Hi Hd Hq Hn. constructor; [done| |].
  - intros j Hj. cbn. rewrite length_insert. destruct (decide (j = i)) as [->|Hne]; [done|]. apply H2. by apply Hq.
  - intros j m Hj. cbn in Hj. destruct (decide (j = i)) as [->|Hne].
    + rewrite list_lookup_insert_eq in Hj by done. by injection Hj as <-.
    + rewrite list_lookup_insert_ne in Hj by done. specialize (H3 j m Hj).
      by rewrite (bool_decide_ext (j ∈ q') (j ∈ q)) by (by apply Hq).
Qed.

Lemma dec_rw_ok n : 0 < m_references n -> 0 < m_writable n ->
  dec_rw n = Ok (set_counts (m_references n - 1) (m_writable n - 1) (m_blocking n) n).
Proof.
  intros Hr Hw. unfold dec_rw, dec_writable, dec_references, int_dec. rewrite (proj2 (Z.leb_gt (m_writable n) _)) by lia.
  cbn [ub_when mbind res_bind set_counts m_references m_writable m_blocking]. by rewrite (proj2 (Z.leb_gt (m_references n) _)) by lia.
Qed.

Lemma b2z_elem (i : nat) (q : list nat) : i ∈ q -> b2z (bool_decide (i ∈ q)) = 1.
Proof. intros Hi. by rewrite bool_decide_eq_true_2. Qed.
Lemma b2z_not_elem (i : nat) (q : list nat) : i ∉ q -> b2z (bool_decide (i ∈ q)) = 0.
Proof. intros Hi. by rewrite bool_decide_eq_false_2. Qed.

(** The rest of the queue if a chunk was written and let go. *)
Definition after_sync (released : bool) (q q' : list nat) : list nat := if released then q' else q.

Lemma sync_chunk_ok env hs id q q' l w i options : memory_ok w -> w_lists w !! id = Some l -> list_ok hs id q l -> q ≡ₚ i :: q' ->
  let success := env_sync env id i (fst options) in
  exists w' l', sync_chunk env id i options w = Ok (success, w') /\ w_lists w' = <[id := l']> (w_lists w) /\
    memory_ok w' /\ adjusted w w' /\ m_queue l' = m_queue l /\ m_chunk_size l' = m_chunk_size l /\ m_manager l' = m_manager l /\ length (nodes l') = length (nodes l) /\
    (forall j, j <> i -> nodes l' !! j = nodes l !! j) /\ list_ok hs id (after_sync (success && snd options) q q') l'.
Proof.
  intros Hm Hl Hq Hp success. assert (Hi : i ∈ q) by (rewrite Hp; left). pose proof (lo_queue _ _ _ _ Hq i Hi) as Hlt.
  apply lookup_lt_is_Some in Hlt as (n & Hn). pose proof (lo_node _ _ _ _ Hq i n Hn) as [N1 N2 N3 N4 N5].
  rewrite (b2z_elem i q Hi) in *. destruct (refs_bound hs id i) as ([Hw0 _] & _ & _). pose proof (refs_bound hs id i) as (Hb & _ & _).
  assert (Hv : is_valid n = true) by (rewrite N4; apply Z.ltb_lt; lia).
  assert (Hd : NoDup (i :: q')) by (rewrite <- Hp; apply (lo_nodup _ _ _ _ Hq)). apply NoDup_cons in Hd as [Hni Hd].
  assert (Hj : forall j, j <> i -> j ∈ q' <-> j ∈ q) by (intros j Hne; rewrite Hp, elem_of_cons; tauto).
  unfold sync_chunk. rewrite (get_node_eq id i w l n) by done. cbn [mbind res_bind].
  rewrite (proj2 (Z.leb_gt (m_references n) 0)), (proj2 (Z.leb_gt (m_writable n) 0)) by lia. rewrite Hv.
  cbn [orb throw_when ub_when negb mbind res_bind]. fold success.
  destruct success; cbn [negb andb after_sync]; [|exists w, l; split_and!; rewrite ?insert_id; done].
  rewrite (set_node_eq id i _ w l) by done. set (n1 := set_sync_triggered true n). set (l1 := with_node i n1 l).
  assert (Hl1 : w_lists (set_list id l1 w) !! id = Some l1) by apply set_list_lists.
  assert (Hlen : (i < length (nodes l))%nat) by by eapply lookup_lt_Some.
  assert (Hn1 : nodes l1 !! i = Some n1) by (cbn; by apply list_lookup_insert_eq).
  assert (Hm1 : memory_ok (set_list id l1 w)) by by eapply memory_node.
  destruct (snd options); cbn [negb andb after_sync].
  2: { eexists _, l1. split_and!; [reflexivity|done|done|apply adjusted_list|done|done|done|cbn; by rewrite length_insert| |].
       - intros j Hne. cbn. by rewrite list_lookup_insert_ne.
       - apply (list_ok_node hs id q); [done|done|apply (lo_nodup _ _ _ _ Hq)|done|]. rewrite (b2z_elem i q Hi). by constructor. }
  rewrite dec_rw_ok by (cbn; lia). cbn [mbind res_bind]. set (n2 := set_counts _ _ _ n1).
  rewrite (set_node_eq id i n2 _ l1) by done. rewrite set_list_twice. unfold l1. rewrite with_node_twice. set (l2 := with_node i n2 l).
  assert (Hm2 : memory_ok (set_list id l2 w)) by by eapply memory_node.
  assert (Hn2 : nodes l2 !! i = Some n2) by (cbn; by apply list_lookup_insert_eq).
  assert (Hr2 : m_references n2 = refs hs id i) by (cbn; lia).
  destruct (m_references n2 =? 0) eqn:E0; bool_prop.
  - destruct (clear_chunk_ok id i (set_list id l2 w) l2 n2) as (w' & -> & Hw' & Hm' & Ha'); [done|apply set_list_lists|done|done|].
    cbn [mbind res_bind]. unfold l2 in Hw'. rewrite with_node_twice in Hw'. cbn in Hw'. rewrite insert_insert_eq in Hw'.
    eexists _, _. split_and!; [reflexivity|exact Hw'|done|etrans; [apply adjusted_list|exact Ha']|done|done|done|cbn; by rewrite length_insert| |].
    + intros j Hne. cbn. by rewrite list_lookup_insert_ne.
    + apply (list_ok_node hs id q); [done..|]. rewrite (b2z_not_elem i q' Hni). constructor; cbn; [lia|lia|done| |done].
      rewrite (proj2 (Z.ltb_ge _ _)) by lia. done.
  - cbn [mbind res_bind]. eexists _, l2. split_and!; [reflexivity|done|done|apply adjusted_list|done|done|done|cbn; by rewrite length_insert| |].
    + intros j Hne. cbn. by rewrite list_lookup_insert_ne.
    + apply (list_ok_node hs id q); [done..|]. rewrite (b2z_not_elem i q' Hni). constructor; cbn; [lia|lia|done| |].
      * change (is_valid n2) with (is_valid n). rewrite Hv. symmetry. apply Z.ltb_lt. pose proof (refs_bound hs id i) as (_ & _ & _). lia.
      * intros p Hpr Hwr. apply (N5 p Hpr). lia.
Qed.

(** ** The queue *)

Lemma swap_perm a b q : swap a b q ≡ₚ q.
Proof.
  unfold swap. destruct (q !! a) as [x|] eqn:Ea; [|done]. destruct (q !! b) as [y|] eqn:Eb; [|done].
  pose proof (lookup_lt_Some _ _ _ Ea) as La. pose proof (lookup_lt_Some _ _ _ Eb) as Lb.
  destruct (decide (a = b)) as [->|Hne].
  - assert (x = y) as -> by congruence. rewrite (list_insert_id q b y) by done. by rewrite list_insert_id.
  - symmetry. apply Permutation_inj. split; [by rewrite !length_insert|].
    exists (fun k => if decide (k = a) then b else if decide (k = b) then a else k).
    split; [intros c d; repeat case_decide; lia|]. intros k. repeat case_decide; subst.
    + rewrite list_lookup_insert_eq by (rewrite length_insert; lia). done.
    + rewrite list_lookup_insert_ne by done. by rewrite list_lookup_insert_eq by lia.
    + rewrite !list_lookup_insert_ne by done. done.
Qed.

Lemma length_swap a b q : length (swap a b q) = length q.
Proof. by rewrite swap_perm. Qed.

(** Swapping an element to the end of the part that is kept. *)
Lemma swap_split itr split q i : q !! itr = Some i -> (split <= itr)%nat ->
  take (S split) (swap itr split q) = take split q ++ [i] /\ drop (S itr) (swap itr split q) = drop (S itr) q.
Proof.
  intros Hi Hle. pose proof (lookup_lt_Some _ _ _ Hi) as Hlt. destruct (lookup_lt_is_Some_2 q split) as (y & Hy); [lia|].
  assert (Hs : swap itr split q = <[split := i]> (<[itr := y]> q)) by (unfold swap; by rewrite Hi, Hy).
  split.
  - rewrite (take_S_r _ _ i) by (rewrite Hs, list_lookup_insert_eq by (rewrite length_insert; lia); done).
    f_equal. rewrite Hs, take_insert_ge by lia. by rewrite take_insert_ge by lia.
  - rewrite Hs, drop_insert_lt by lia. by rewrite drop_insert_lt by lia.
Qed.

(** Whether a chunk stays in the queue, and whether it could not be written. *)
Definition keeps (env : environment) (id : nat) (flags : Z) (l : chunk_list) (i : nat) : bool :=
  match nodes l !! i with
  | Some n => let o := sync_options n flags in negb (env_sync env id i (fst o) && snd o)
  | None => true
  end.
Definition fails (env : environment) (id : nat) (flags : Z) (l : chunk_list) (i : nat) : bool :=
  match nodes l !! i with Some n => negb (env_sync env id i (fst (sync_options n flags))) | None => true end.

Lemma filter_ext_in {A} (f g : A -> bool) l : (forall x, x ∈ l -> f x = g x) -> List.filter f l = List.filter g l.
Proof. induction l as [|a l IH]; intros Hfg; [done|]. cbn. rewrite Hfg by left. rewrite IH; [done|]. intros x Hx. apply Hfg. by right. Qed.

Lemma sync_loop_ok env hs id flags steps : forall itr split failed q w l,
  w_lists w !! id = Some l -> (itr + steps = length q)%nat -> (split <= itr)%nat -> NoDup q -> memory_ok w ->
  list_ok hs id (take split q ++ drop itr q) l -> 0 <= failed -> failed + Z.of_nat steps < 2 ^ 32 ->
  exists q' split' failed' w' l', sync_loop env id flags steps itr split failed q w = Ok (q', split', failed', w') /\
    w_lists w' = <[id := l']> (w_lists w) /\ memory_ok w' /\ adjusted w w' /\ m_queue l' = m_queue l /\ m_chunk_size l' = m_chunk_size l /\ m_manager l' = m_manager l /\
    length (nodes l') = length (nodes l) /\ q' ≡ₚ q /\ (split' <= length q')%nat /\ list_ok hs id (take split' q') l' /\
    take split' q' = take split q ++ List.filter (keeps env id flags l) (drop itr q) /\
    failed' = failed + Z.of_nat (count (fails env id flags l) (drop itr q)).
Proof.
  induction steps as [|steps IH]; intros itr split failed q w l Hl Hlen Hle Hd Hm Hq Hf0 Hf; cbn [sync_loop].
  { rewrite drop_ge in * by lia. exists q, split, failed, w, l. rewrite app_nil_r in Hq. cbn [List.filter]. rewrite app_nil_r, count_nil.
    split_and!; rewrite ?insert_id; try done; lia. }
  destruct (lookup_lt_is_Some_2 q itr) as (i & Hi); [lia|]. rewrite Hi. cbn [of_deref mbind res_bind].
  pose proof (drop_S q i itr Hi) as Hdrop.
  assert (Hnot : i ∉ drop (S itr) q).
  { rewrite <- (take_drop itr q) in Hd. apply NoDup_app in Hd as (_ & _ & Hd). rewrite Hdrop in Hd. by apply NoDup_cons in Hd as [? _]. }
  assert (Hin : i ∈ take split q ++ drop itr q) by (apply elem_of_app; right; rewrite Hdrop; left).
  destruct (lookup_lt_is_Some_2 (nodes l) i (lo_queue _ _ _ _ Hq i Hin)) as (n & Hn).
  rewrite (get_node_eq id i w l n) by done. cbn [mbind res_bind]. set (o := sync_options n flags).
  assert (Hp : take split q ++ drop itr q ≡ₚ i :: (take split q ++ drop (S itr) q)) by (rewrite Hdrop; symmetry; apply Permutation_middle).
  destruct (sync_chunk_ok env hs id _ _ l w i o Hm Hl Hq Hp) as (w1 & l1 & -> & E1 & Hm1 & Ha1 & Q1 & S1 & G1 & L1 & O1 & Hq1).
  cbn [mbind res_bind]. set (success := env_sync env id i (fst o)) in *.
  assert (Hl1 : w_lists w1 !! id = Some l1) by (rewrite E1; apply lookup_insert_eq).
  assert (Hk : keeps env id flags l i = negb (success && snd o) /\ fails env id flags l i = negb success).
  { unfold keeps, fails. rewrite Hn. done. }
  assert (Hrest : List.filter (keeps env id flags l1) (drop (S itr) q) = List.filter (keeps env id flags l) (drop (S itr) q)).
  { apply filter_ext_in. intros x Hx. unfold keeps. rewrite O1; [done|]. intros ->. done. }
  assert (Hrestf : count (fails env id flags l1) (drop (S itr) q) = count (fails env id flags l) (drop (S itr) q)).
  { unfold count. f_equal. apply filter_ext_in. intros x Hx. unfold fails. rewrite O1; [done|]. intros ->. done. }
  assert (Hjoin : forall w2 l2, w_lists w2 = <[id := l2]> (w_lists w1) -> w_lists w2 = <[id := l2]> (w_lists w)).
  { intros w2 l2 ->. by rewrite E1, insert_insert_eq. }
  destruct (swap_split itr split q i Hi Hle) as [T1 T2].
  destruct success; cbn [negb andb after_sync] in *.
  - destruct (snd o); cbn [negb andb after_sync] in *.
    + destruct (IH (S itr) split failed q w1 l1) as (q' & split' & failed' & w' & l' & -> & F1 & F2 & F3 & F4 & F5 & G & F6 & F7 & F8 & F9 & F10 & F11);
        [done|lia|lia|done|done|done|lia|lia|].
      exists q', split', failed', w', l'. split_and!; [done|auto|done|by etrans|congruence|congruence|congruence|congruence|done|done|done| |].
      * rewrite F10, Hrest, Hdrop. cbn [List.filter]. by rewrite (proj1 Hk).
      * rewrite F11, Hrestf, Hdrop, count_cons, (proj2 Hk). lia.
    + destruct (IH (S itr) (S split) failed (swap itr split q) w1 l1)
        as (q' & split' & failed' & w' & l' & -> & F1 & F2 & F3 & F4 & F5 & G & F6 & F7 & F8 & F9 & F10 & F11);
        [done|rewrite length_swap; lia|lia|by rewrite swap_perm|done| |lia|lia|].
      { rewrite T1, T2. eapply list_ok_perm; [|exact Hq1]. rewrite Hdrop, <- app_assoc. done. }
      exists q', split', failed', w', l'. split_and!; [done|auto|done|by etrans|congruence|congruence|congruence|congruence|by rewrite F7, swap_perm|done|done| |].
      * rewrite F10, T1, T2, Hrest, Hdrop. cbn [List.filter]. rewrite (proj1 Hk). by rewrite <- app_assoc.
      * rewrite F11, T2, Hrestf, Hdrop, count_cons, (proj2 Hk). lia.
  - destruct (IH (S itr) (S split) (u32 (failed + 1)) (swap itr split q) w1 l1)
      as (q' & split' & failed' & w' & l' & -> & F1 & F2 & F3 & F4 & F5 & G & F6 & F7 & F8 & F9 & F10 & F11);
      [done|rewrite length_swap; lia|lia|by rewrite swap_perm|done| |rewrite u32_small; lia|rewrite u32_small; lia|].
    { rewrite T1, T2. eapply list_ok_perm; [|exact Hq1]. rewrite Hdrop, <- app_assoc. done. }
    exists q', split', failed', w', l'. split_and!; [done|auto|done|by etrans|congruence|congruence|congruence|congruence|by rewrite F7, swap_perm|done|done| |].
    + rewrite F10, T1, T2, Hrest, Hdrop. cbn [List.filter]. rewrite (proj1 Hk). by rewrite <- app_assoc.
    + rewrite F11, T2, Hrestf, Hdrop, count_cons, (proj2 Hk). rewrite u32_small by lia. lia.
Qed.

(** ** Choosing what to sync *)

Lemma swap_take a b k q : (k <= a)%nat -> (k <= b)%nat -> take k (swap a b q) = take k q.
Proof.
  intros Ha Hb. unfold swap. destruct (q !! a); [|done]. destruct (q !! b); [|done]. by rewrite !take_insert_ge by lia.
Qed.

Lemma swap_ranges_ok l : forall a b q k, (k <= a)%nat -> (k <= b)%nat -> swap_ranges l a b q ≡ₚ q /\ take k (swap_ranges l a b q) = take k q.
Proof.
  induction l as [|l IH]; intros a b q k Ha Hb; [done|]. cbn [swap_ranges].
  destruct (IH (S a) (S b) (swap a b q) k) as [H1 H2]; [lia|lia|].
  split; [by rewrite H1, swap_perm|by rewrite H2, swap_take].
Qed.

Lemma seek_loop_bounds l : forall prev first, (first <= seek_loop prev first l <= first + length l)%nat.
Proof. induction l as [|i l IH]; intros prev first; cbn; [lia|]. destruct (_ <? _); [lia|]. specialize (IH (Z.of_nat i) (S first)). lia. Qed.

Lemma seek_range_ok first q : (first < length q)%nat -> exists range, seek_range first q = Ok range /\ (first < range <= length q)%nat.
Proof.
  intros Hlt. unfold seek_range. destruct (lookup_lt_is_Some_2 q first Hlt) as (i & ->). cbn [of_deref mbind res_bind].
  eexists. split; [reflexivity|]. pose proof (seek_loop_bounds (drop (S first) q) (Z.of_nat i) (S first)) as Hb. rewrite length_drop in Hb. lia.
Qed.

Lemma any_of_ok p l : (forall i, i ∈ l -> exists b, p i = Ok b) -> exists b, any_of p l = Ok b.
Proof.
  induction l as [|i l IH]; intros Hp; [by eexists|]. cbn [any_of]. destruct (Hp i) as (b & ->); [left|]. cbn [mbind res_bind].
  destruct b; [by eexists|]. apply IH. intros j Hj. apply Hp. by right.
Qed.

Lemma check_node_ok env id i w l : w_lists w !! id = Some l -> (i < length (nodes l))%nat -> exists b, check_node env id i w = Ok b.
Proof.
  intros Hl Hi. destruct (lookup_lt_is_Some_2 _ _ Hi) as (n & Hn). unfold check_node. rewrite (get_node_eq id i w l n) by done. by eexists.
Qed.

Lemma partition_loop_ok env id w l k fuel : w_lists w !! id = Some l -> forall itr first weight maxDistance dontSkip q,
  (forall i, i ∈ q -> (i < length (nodes l))%nat) -> (length q <= fuel + itr)%nat -> (k <= first)%nat -> (first <= itr)%nat -> (itr <= length q)%nat ->
  exists first' q', partition_loop env id w fuel itr first weight maxDistance dontSkip q = Ok (first', q') /\
    q' ≡ₚ q /\ take k q' = take k q /\ (k <= first' <= length q)%nat.
Proof.
  intros Hl. induction fuel as [|fuel IH]; intros itr first weight maxDistance dontSkip q Hq Hf Hk Hfi Hi; cbn [partition_loop].
  { rewrite (proj2 (Nat.leb_le (length q) itr)) by lia. eexists _, q. split_and!; [reflexivity|done|done| |]; destruct (_ && _); lia. }
  destruct (length q <=? itr)%nat eqn:El.
  { eexists _, q. apply Nat.leb_le in El. split_and!; [reflexivity|done|done| |]; destruct (_ && _); lia. }
  apply Nat.leb_gt in El. destruct (seek_range_ok itr q El) as (range & -> & Hr). cbn [mbind res_bind].
  destruct (any_of_ok (fun i => check_node env id i w) (take (range - itr) (drop itr q))) as (required & ->).
  { intros i Hin. apply (check_node_ok env id i w l Hl). apply Hq. apply list_elem_of_lookup in Hin as (j & Hj).
    apply lookup_take_Some in Hj as [Hj _]. rewrite lookup_drop in Hj. by eapply list_elem_of_lookup_2. }
  cbn [mbind res_bind]. destruct (negb required && _).
  - set (m := Nat.min (range - itr) (itr - first)). destruct (swap_ranges_ok m first (range - m) q k) as [P1 P2]; [lia|lia|].
    destruct (IH range (first + m)%nat weight maxDistance (dontSkip || required) (swap_ranges m first (range - m) q))
      as (first' & q' & -> & F1 & F2 & F3); [intros i; rewrite P1; apply Hq|rewrite P1; lia|lia|lia|rewrite P1; lia|].
    exists first', q'. rewrite P1 in F1, F3. rewrite P2 in F2. done.
  - apply IH; [done|lia|done|lia|lia].
Qed.

Lemma partition_writable_ok id w l q : w_lists w !! id = Some l -> (forall i, i ∈ q -> (i < length (nodes l))%nat) ->
  exists a b, partition_writable id w q = Ok (a, b) /\ a ++ b ≡ₚ q /\
    (forall i n, nodes l !! i = Some n -> i ∈ q -> i ∈ b <-> m_writable n = 1).
Proof.
  intros Hl. induction q as [|i q IH]; intros Hq; cbn [partition_writable].
  { exists [], []. split_and!; [done|done|]. by intros i n _ Hi%elem_of_nil. }
  destruct (lookup_lt_is_Some_2 _ _ (Hq i ltac:(left))) as (n & Hn). rewrite (get_node_eq id i w l n) by done. cbn [mbind res_bind].
  destruct IH as (a & b & -> & Hp & Hb); [intros j Hj; apply Hq; by right|]. cbn [mbind res_bind].
  destruct (m_writable n =? 1) eqn:E; cbn [negb]; bool_prop.
  - exists a, (i :: b). split_and!; [done|rewrite <- Hp; symmetry; apply Permutation_middle|].
    intros j m Hm [->|Hj]%elem_of_cons.
    + assert (m = n) as -> by congruence. split; [done|intros _; left].
    + rewrite elem_of_cons, (Hb j m Hm Hj). split; [intros [->|?]; [|done]|by right]. by assert (m = n) as -> by congruence.
  - exists (i :: a), b. split_and!; [done|cbn; by rewrite Hp|]. intros j m Hm [->|Hj]%elem_of_cons; [|by apply Hb].
    assert (m = n) as -> by congruence. split; [|done]. intros Hb'. exfalso.
    apply E. apply (Hb i n Hn); [|done]. rewrite <- Hp. apply elem_of_app. by right.
Qed.

(** ** Syncing a list *)

Lemma queue_length hs id q l : list_ok hs id q l -> (length q <= length (nodes l))%nat.
Proof.
  intros [Hd Hq _]. rewrite <- (length_seq (length (nodes l)) 0) at 1. apply submseteq_length, NoDup_submseteq; [done|].
  intros i Hi. apply elem_of_seq. specialize (Hq i Hi). lia.
Qed.

Lemma sort_from_perm split q : (split <= length q)%nat -> sort_from split q ≡ₚ q /\ take split (sort_from split q) = take split q.
Proof.
  intros Hle. unfold sort_from. split; [by rewrite merge_sort_Permutation, take_drop|].
  rewrite take_app_le by (rewrite length_take; lia). by rewrite take_take, Nat.min_id.
Qed.

(** The chunks that are synced come last. *)
Definition chosen_from (env : environment) (id : nat) (flags : Z) (w : world) (queue : list nat) : res (nat * list nat) :=
  '(split, q) ← (if has flags sync_all then Ok (0%nat, queue)
                 else '(a, b) ← partition_writable id w queue; Ok (length a, a ++ b));
  let q := sort_from split q in
  let flags := choose_flags env id flags (w_memory w) in
  if has flags sync_use_timeout && negb (has flags sync_force) then partition_optimize env id w split 50 5 false q else Ok (split, q).

(** The nodes that may be synced: all, or those that only the queue holds for writing. *)
Definition eligible (flags : Z) (l : chunk_list) (i : nat) : Prop :=
  has flags sync_all = true \/ exists n, nodes l !! i = Some n /\ m_writable n = 1.

Lemma chosen_from_ok env hs id flags w l : w_lists w !! id = Some l -> list_ok hs id (m_queue l) l ->
  exists split q, chosen_from env id flags w (m_queue l) = Ok (split, q) /\ q ≡ₚ m_queue l /\ (split <= length q)%nat /\
    (forall i, i ∈ drop split q -> eligible flags l i) /\
    let flags := choose_flags env id flags (w_memory w) in
    (has flags sync_use_timeout && negb (has flags sync_force) = false ->
      forall i, i ∈ m_queue l -> eligible flags l i -> i ∈ drop split q).
Proof.
  intros Hl Hq. assert (Hin : forall i, i ∈ m_queue l -> (i < length (nodes l))%nat) by apply (lo_queue _ _ _ _ Hq).
  unfold chosen_from.
  assert (exists split q, (if has flags sync_all then Ok (0%nat, m_queue l)
    else '(a, b) ← partition_writable id w (m_queue l); Ok (length a, a ++ b)) = Ok (split, q) /\ q ≡ₚ m_queue l /\ (split <= length q)%nat /\
    (forall i, i ∈ m_queue l -> i ∈ drop split q <-> eligible flags l i)) as (split & q & -> & Hp & Hs & Helig).
  { destruct (has flags sync_all) eqn:Eall.
    - exists 0%nat, (m_queue l). split_and!; [done|done|lia|]. intros i Hi. rewrite drop_0. split; [by left|done].
    - destruct (partition_writable_ok id w l (m_queue l) Hl Hin) as (a & b & -> & Hp & Hb). cbn [mbind res_bind].
      exists (length a), (a ++ b). split_and!; [done|done|rewrite length_app; lia|]. intros i Hi. rewrite drop_app_length.
      destruct (lookup_lt_is_Some_2 _ _ (Hin i Hi)) as (n & Hn). rewrite (Hb i n Hn Hi). unfold eligible. rewrite Eall.
      split; [intros Hw; right; by exists n|]. intros [?|(m & Hm & Hw)]; [done|]. congruence. }
  cbn [mbind res_bind]. destruct (sort_from_perm split q Hs) as [S1 S2]. set (q1 := sort_from split q) in *.
  assert (Hdrop : forall q2 k, q2 ≡ₚ q -> take split q2 = take split q -> (split <= k)%nat -> forall i, i ∈ drop k q2 -> i ∈ drop split q).
  { intros q2 k Hp2 Ht Hk i Hi. assert (i ∈ drop split q2).
    { apply list_elem_of_lookup in Hi as (j & Hj). rewrite lookup_drop in Hj. apply list_elem_of_lookup. exists (k + j - split)%nat.
      rewrite lookup_drop. by replace (split + (k + j - split))%nat with (k + j)%nat by lia. }
    rewrite <- (take_drop split q2), <- (take_drop split q), Ht in Hp2. by apply Permutation_app_inv_l in Hp2; rewrite <- Hp2. }
  assert (Hlift : forall q2 k, q2 ≡ₚ q -> take split q2 = take split q -> (split <= k)%nat -> forall i, i ∈ drop k q2 -> eligible flags l i).
  { intros q2 k Hp2 Ht Hk i Hi. pose proof (Hdrop q2 k Hp2 Ht Hk i Hi) as Hi2. apply Helig; [|done].
    rewrite <- Hp. rewrite <- (take_drop split q). apply elem_of_app. by right. }
  destruct (has _ sync_use_timeout && negb _) eqn:Emode.
  - unfold partition_optimize.
    destruct (partition_loop_ok env id w l split (length q1) Hl split split 50 5 false q1) as (first & q2 & -> & P1 & P2 & P3);
      [intros i; rewrite S1, Hp; apply Hin|lia|done|done|rewrite S1; lia|].
    exists first, q2. split_and!; [done|by rewrite P1, S1|rewrite P1; lia| |done].
    apply (Hlift q2 first); [by rewrite P1|congruence|lia].
  - exists split, q1. split_and!; [done|by rewrite S1|rewrite S1; lia| |].
    + by apply (Hlift q1 split).
    + intros _ i Hi He. assert (Hi2 : i ∈ drop split q).
      { apply Helig; [done|]. destruct He as [He|He]; [|by right]. left. revert He. unfold choose_flags, has.
        repeat case_match; try done; rewrite Z.land_lor_distr_l; by rewrite Z.lor_0_r. }
      rewrite <- (take_drop split q1), <- (take_drop split q), S2 in S1. by apply Permutation_app_inv_l in S1; rewrite S1.
Qed.

Lemma sync_queue_chosen env id flags w l : w_lists w !! id = Some l -> m_queue l <> [] ->
  sync_queue env id flags w =
    ('(split, q) ← chosen_from env id flags w (m_queue l);
     let flags := choose_flags env id flags (w_memory w) in
     '(q, split, failed, w) ← sync_loop env id flags (length q - split) split split 0 q w;
     m ← release_sync_queue (u32 (Z.of_nat (length q - split))) (m_chunk_size l) (w_memory w);
     Ok (failed, set_queue id (take split q) (set_memory m w))).
Proof.
  intros Hl Hne. unfold sync_queue, chosen_from, get_list. rewrite Hl. cbn [of_deref mbind res_bind].
  destruct (length (m_queue l) =? 0)%nat eqn:E; [apply Nat.eqb_eq in E; by destruct (m_queue l)|].
  destruct (if has flags sync_all then _ else _) as [[split q]| |]; done.
Qed.

Definition with_queue (q : list nat) (l : chunk_list) : chunk_list := List (nodes l) q (m_chunk_size l) (m_manager l).

Lemma release_queue_ok w id l k : memory_ok w -> sync_ok w -> w_lists w !! id = Some l -> 0 <= k <= queued l ->
  (forall j l, w_lists w !! j = Some l -> queued l <= zlen (nodes l)) ->
  release_sync_queue (u32 k) (m_chunk_size l) (w_memory w) =
    Ok (set_sync_queue (m_sync_queue_block_count (w_memory w) - k) (m_sync_queue_memory_usage (w_memory w) - k * m_chunk_size l) (w_memory w)).
Proof.
  intros Hm [Hc Hb] Hl Hk Hqn. pose proof (mo_size _ Hm) as Hs. pose proof (mo_nodes _ Hm) as Hn. pose proof (mo_bytes _ Hm) as Hby.
  assert (Hq0 : forall j l, w_lists w !! j = Some l -> 0 <= queued l) by (intros; unfold queued; apply zlen_nonneg).
  assert (T1 : total queued (w_lists w) <= total (fun l => zlen (nodes l)) (w_lists w)) by (apply total_le; done).
  assert (T2 : total (fun l => m_chunk_size l * queued l) (w_lists w) <= total (fun l => m_chunk_size l * zlen (nodes l)) (w_lists w)).
  { apply total_le. intros j k' Hj. pose proof (Hs j k' Hj). pose proof (Hqn j k' Hj). nia. }
  assert (T3 : queued l <= total queued (w_lists w)) by (apply (total_elem _ _ id); [done|done]).
  assert (T4 : m_chunk_size l * queued l <= total (fun l => m_chunk_size l * queued l) (w_lists w)).
  { apply (total_elem (fun l => m_chunk_size l * queued l) _ id); [|done]. intros j k' Hj. pose proof (Hs j k' Hj). pose proof (Hq0 j k' Hj). nia. }
  pose proof (Hs id l Hl) as Hsz. unfold release_sync_queue. rewrite (u32_small k) by lia. rewrite (u64_small (k * m_chunk_size l)) by nia.
  rewrite (proj2 (Z.ltb_ge (m_sync_queue_block_count (w_memory w)) k)) by lia.
  rewrite (proj2 (Z.ltb_ge (m_sync_queue_memory_usage (w_memory w)) (k * m_chunk_size l))) by nia.
  cbn [throw_when mbind res_bind]. rewrite u32_small, u64_small by nia. done.
Qed.

Lemma sync_ok_list w w' id l l' : sync_ok w -> w_lists w !! id = Some l -> m_chunk_size l' = m_chunk_size l -> w_lists w' = <[id := l']> (w_lists w) ->
  m_sync_queue_block_count (w_memory w') = m_sync_queue_block_count (w_memory w) + (queued l' - queued l) ->
  m_sync_queue_memory_usage (w_memory w') = m_sync_queue_memory_usage (w_memory w) + m_chunk_size l * (queued l' - queued l) -> sync_ok w'.
Proof.
  intros [Hc Hb] Hl Hsz Hw E1 E2. constructor; rewrite Hw, (total_insert _ _ id l l' Hl); [rewrite E1, Hc; lia|rewrite E2, Hb, Hsz; lia].
Qed.

(** The queues of all lists are within their nodes. *)
Lemma world_queues hs w : world_ok hs w -> forall j l, w_lists w !! j = Some l -> queued l <= zlen (nodes l).
Proof. intros Hw j l Hl. unfold queued, zlen. pose proof (queue_length hs j _ l (wo_lists _ _ Hw j l Hl)). lia. Qed.

(** A list of a world is replaced by one with the same nodes. *)
Lemma world_ok_list hs w w' id l l' : world_ok hs w -> w_lists w !! id = Some l -> w_lists w' = <[id := l']> (w_lists w) ->
  length (nodes l') = length (nodes l) -> m_manager l' = m_manager l -> list_ok hs id (m_queue l') l' -> memory_ok w' -> sync_ok w' ->
  w_manager w' = w_manager w -> world_ok hs w'.
Proof.
  intros [H1 H2 H3 H4 H5 H6 H7 H8 H9] Hl Hw Hlen Hman Hok Hm Hs Hmg. constructor; try done; rewrite ?Hw, ?Hmg.
  - intros j k Hj. apply lookup_insert_Some in Hj as [[<- <-]|[_ Hj]]; [done|by apply H1].
  - intros h Hh. destruct (H4 h Hh) as (k & Hk & Hlt). destruct (decide (d_list h = id)) as [E|Hne].
    + exists l'. rewrite E, lookup_insert_eq. split; [done|]. rewrite Hlen. rewrite E in Hk. by assert (k = l) as <- by congruence.
    + exists k. by rewrite lookup_insert_ne.
  - intros j Hj. rewrite lookup_insert_is_Some'. right. by apply H6.
  - done.
  - done.
  - intros j k Hj. apply lookup_insert_Some in Hj as [[<- <-]|[_ Hj]]; [rewrite Hman|]; by apply H9.
Qed.

(** What syncing a list does: some eligible chunks of its queue are tried, all
    of them unless the queue is thinned out; those that could not be written,
    or were only started, stay. *)
Record synced (env : environment) (id : nat) (flags : Z) (w w' : world) (l l' : chunk_list) (failed : Z) : Prop := {
  sy_list : w_lists w' = <[id := l']> (w_lists w);
  sy_size : m_chunk_size l' = m_chunk_size l;
  sy_nodes : length (nodes l') = length (nodes l);
  sy_manager : w_manager w' = w_manager w;
  sy_known : m_manager l' = m_manager l;
  sy_errors : w_errors w' = w_errors w;
  sy_held : w_held w' = w_held w;
  sy_max : m_max_memory_usage (w_memory w') = m_max_memory_usage (w_memory w);
  sy_tried : exists rest tried, let flags' := choose_flags env id flags (w_memory w) in
    m_queue l ≡ₚ rest ++ tried /\ m_queue l' = rest ++ List.filter (keeps env id flags' l) tried /\
    failed = Z.of_nat (count (fails env id flags' l) tried) /\ (forall i, i ∈ tried -> eligible flags l i) /\
    (has flags' sync_use_timeout && negb (has flags' sync_force) = false -> forall i, i ∈ m_queue l -> eligible flags' l i -> i ∈ tried);
}.

Lemma sync_queue_ok env hs id flags w l : world_ok hs w -> w_lists w !! id = Some l ->
  exists failed w' l', sync_queue env id flags w = Ok (failed, w') /\ world_ok hs w' /\ synced env id flags w w' l l' failed /\
    m_last_try_free_memory w' = m_last_try_free_memory w /\ m_last_freed_index w' = m_last_freed_index w.
Proof.
  intros Hw Hl. pose proof (wo_lists _ _ Hw id l Hl) as Hq. destruct (decide (m_queue l = [])) as [E|Hne].
  { unfold sync_queue, get_list. rewrite Hl. cbn [of_deref mbind res_bind]. rewrite E. cbn [length Nat.eqb].
    exists 0, w, l. split_and!; [done|done| |done|done]. constructor; [by rewrite insert_id|done..|]. exists [], [].
    rewrite E. split_and!; [done|done|done| |]; by intros; match goal with H : _ ∈ [] |- _ => apply elem_of_nil in H | |- _ => idtac end. }
  rewrite (sync_queue_chosen env id flags w l Hl Hne).
  destruct (chosen_from_ok env hs id flags w l Hl Hq) as (split & q & -> & Hp & Hs & He & Hall). cbn [mbind res_bind].
  set (flags' := choose_flags env id flags (w_memory w)) in *.
  pose proof (queue_length _ _ _ _ Hq) as Hql. pose proof (mo_nodes _ (wo_memory _ _ Hw)) as Hn32.
  assert (Hlen32 : zlen (nodes l) < 2 ^ 32).
  { eapply Z.le_lt_trans; [|exact Hn32]. apply (total_elem (fun l => zlen (nodes l)) _ id); [|done]. intros; apply zlen_nonneg. }
  assert (Hlq : length q = length (m_queue l)) by by rewrite Hp.
  destruct (sync_loop_ok env hs id flags' (length q - split) split split 0 q w l) as (q' & split' & failed & w1 & l1 & -> & F1 & F2 & F3 & F4 & F5 & G & F6 & F7 & F8 & F9 & F10 & F11);
    [done|lia|done|rewrite Hp; apply (lo_nodup _ _ _ _ Hq)|apply (wo_memory _ _ Hw)|rewrite take_drop; by eapply list_ok_perm|lia|unfold zlen in Hlen32; lia|].
  cbn [mbind res_bind]. assert (Hl1 : w_lists w1 !! id = Some l1) by (rewrite F1; apply lookup_insert_eq).
  destruct F3 as (usage & cnt & Ew1).
  assert (Hsync1 : sync_ok w1).
  { eapply (sync_ok_list w w1 id l l1); [apply (wo_sync _ _ Hw)|done|done|done| |]; unfold queued; rewrite F4, Z.sub_diag, ?Z.mul_0_r, Z.add_0_r, Ew1; done. }
  set (k := Z.of_nat (length q' - split')). assert (Hlq' : length q' = length (m_queue l)) by (rewrite F7; done).
  rewrite <- F5. rewrite (release_queue_ok w1 id l1 k F2 Hsync1 Hl1).
  2: { unfold k, queued, zlen. rewrite F4. lia. }
  2: { rewrite F1. intros j m Hj. apply lookup_insert_Some in Hj as [[<- <-]|[_ Hj]]; [|by apply (world_queues hs w Hw j)].
       unfold queued, zlen. rewrite F4, F6. lia. }
  cbn [mbind res_bind]. set (m1 := set_sync_queue _ _ _).
  assert (Hset : set_queue id (take split' q') (set_memory m1 w1) = set_list id (with_queue (take split' q') l1) (set_memory m1 w1)).
  { unfold set_queue. change (w_lists (set_memory m1 w1)) with (w_lists w1). by rewrite Hl1. }
  rewrite Hset. set (l2 := with_queue (take split' q') l1). set (w2 := set_list id l2 (set_memory m1 w1)).
  assert (Hw2l : w_lists w2 = <[id := l2]> (w_lists w)) by (cbn; by rewrite F1, insert_insert_eq).
  assert (Hm2 : memory_ok w2).
  { assert (E : mapped l2 = mapped l1) by done.
    eapply (memory_list w1 id l1 l2); [done|done|done|done|done|left; lia|reflexivity|reflexivity|done| |]; rewrite E, Z.sub_diag, ?Z.mul_0_r, Z.add_0_r; done. }
  assert (Hk2 : queued l2 - queued l1 = - k).
  { unfold queued, zlen, l2, k. cbn. rewrite F4, length_take. lia. }
  assert (Hs2 : sync_ok w2).
  { eapply (sync_ok_list w1 w2 id l1 l2); [done|done|done|done| |]; rewrite Hk2; cbn; lia. }
  assert (Hok2 : world_ok hs w2).
  { eapply (world_ok_list hs w w2 id l l2); [done|done|done|cbn; done|done| |done|done|unfold w2; rewrite Ew1; done].
    destruct F9 as [A B C]. by constructor. }
  exists failed, w2, l2. split; [reflexivity|]. split_and!; [done| |unfold w2; rewrite Ew1; done|unfold w2; rewrite Ew1; done].
  constructor; [done|done|cbn; done|unfold w2; rewrite Ew1; done|done|unfold w2; rewrite Ew1; done|unfold w2; rewrite Ew1; done|cbn; rewrite Ew1; done|].
  exists (take split q), (drop split q). cbn zeta. fold flags'. split_and!; [by rewrite take_drop|exact F10|rewrite F11; lia|done|done].
Qed.

(** Worlds that differ in what does not matter. *)
Lemma world_ok_fields hs w w' : world_ok hs w -> w_lists w' = w_lists w -> w_memory w' = w_memory w -> w_manager w' = w_manager w -> world_ok hs w'.
Proof.
  intros [A1 [B1 B2 B3 B4 B5 B6] [C1 C2] A4 A5 A6 A7 A8 A9] El Em Eg.
  constructor; [by rewrite El|constructor; by rewrite ?El, ?Em|constructor; by rewrite El, Em|by rewrite El|done|by rewrite El, Eg|by rewrite Eg|by rewrite Eg|by rewrite El, Eg].
Qed.

(** ** Handles *)

Lemma refs_cons h hs id i : refs (h :: hs) id i = b2z (on id i h) + refs hs id i /\
  writers (h :: hs) id i = b2z (on id i h && d_writable h) + writers hs id i /\
  blockers (h :: hs) id i = b2z (on id i h && d_blocking h) + blockers hs id i.
Proof. unfold refs, writers, blockers, b2z. rewrite !count_cons. split_and!; repeat case_match; lia. Qed.

Lemma refs_perm hs hs' id i : hs ≡ₚ hs' -> refs hs id i = refs hs' id i /\ writers hs id i = writers hs' id i /\ blockers hs id i = blockers hs' id i.
Proof. intros Hp. unfold refs, writers, blockers. split_and!; f_equal; by apply count_perm. Qed.

Lemma on_same id i wr blk : on id i (Held id i wr blk) = true.
Proof. unfold on. cbn. by rewrite !Nat.eqb_refl. Qed.

Lemma on_other id i j k wr blk : (j, k) <> (id, i) -> on j k (Held id i wr blk) = false.
Proof.
  intros Hne. unfold on. cbn. destruct (id =? j)%nat eqn:E1; [|done]. destruct (i =? k)%nat eqn:E2; [|done].
  apply Nat.eqb_eq in E1, E2. subst. done.
Qed.

Lemma list_ok_handles hs hs' j l : list_ok hs j (m_queue l) l ->
  (forall k, refs hs' j k = refs hs j k /\ writers hs' j k = writers hs j k /\ blockers hs' j k = blockers hs j k) -> list_ok hs' j (m_queue l) l.
Proof. intros [H1 H2 H3] He. constructor; [done|done|]. intros k n Hn. destruct (He k) as (-> & -> & ->). by apply H3. Qed.

(** The handles on one node change, with the node and its place in the queue. *)
Lemma world_ok_handles hs hs' w w' id i l q' n' : world_ok hs w -> w_lists w !! id = Some l -> (i < length (nodes l))%nat ->
  (forall j k, (j, k) <> (id, i) -> refs hs' j k = refs hs j k /\ writers hs' j k = writers hs j k /\ blockers hs' j k = blockers hs j k) ->
  (forall h, h ∈ hs' -> h ∈ hs \/ d_list h = id /\ d_node h = i) -> zlen hs' < 2 ^ 31 - 1 ->
  NoDup q' -> (forall j, j <> i -> j ∈ q' <-> j ∈ m_queue l) ->
  node_ok (refs hs' id i + b2z (bool_decide (i ∈ q'))) (writers hs' id i + b2z (bool_decide (i ∈ q'))) (blockers hs' id i) n' ->
  w_lists w' = <[id := with_queue q' (with_node i n' l)]> (w_lists w) -> memory_ok w' -> sync_ok w' -> w_manager w' = w_manager w ->
  world_ok hs' w'.
Proof.
  intros [H1 H2 H3 H4 H5 H6 H7 H8 H9] Hl Hi He Hh Hfew Hd Hq Hn Hw Hm Hs Hmg. constructor; [|done|done| |done| |by rewrite Hmg|by rewrite Hmg|].
  - intros j k Hj. rewrite Hw in Hj. apply lookup_insert_Some in Hj as [[<- <-]|[Hne Hj]].
    + destruct (H1 id l Hl) as [A B C]. constructor; cbn [m_queue nodes with_queue with_node]; [done| |].
      * intros x Hx. rewrite length_insert. destruct (decide (x = i)) as [->|Hxi]; [done|]. apply B. by apply Hq.
      * intros x n Hx. destruct (decide (x = i)) as [->|Hxi].
        -- rewrite list_lookup_insert_eq in Hx by done. by injection Hx as <-.
        -- rewrite list_lookup_insert_ne in Hx by done. destruct (He id x) as (-> & -> & ->); [congruence|].
           rewrite (bool_decide_ext (x ∈ q') (x ∈ m_queue l)) by (by apply Hq). by apply C.
    + apply (list_ok_handles hs); [by apply H1|]. intros x. apply He. congruence.
  - intros h Hin. rewrite Hw. destruct (Hh h Hin) as [Hold|[E1 E2]].
    + destruct (H4 h Hold) as (k & Hk & Hlt). destruct (decide (d_list h = id)) as [E|Hne].
      * eexists. rewrite E, lookup_insert_eq. split; [done|]. cbn. rewrite length_insert. rewrite E in Hk. by assert (k = l) as <- by congruence.
      * exists k. by rewrite lookup_insert_ne.
    + eexists. rewrite E1, lookup_insert_eq. split; [done|]. cbn. rewrite length_insert. lia.
  - intros j Hj. rewrite Hw, lookup_insert_is_Some'. right. apply H6. by rewrite <- Hmg.
  - rewrite Hmg. intros j k Hj. rewrite Hw in Hj. apply lookup_insert_Some in Hj as [[<- <-]|[_ Hj]]; [by apply (H9 id l)|by apply H9].
Qed.

(** There is room in the accounts for one more chunk in a queue. *)
Lemma account_queue_room hs w id l i : world_ok hs w -> w_lists w !! id = Some l -> i ∉ m_queue l -> (i < length (nodes l))%nat ->
  account_sync_queue (m_chunk_size l) (w_memory w) =
    set_sync_queue (m_sync_queue_block_count (w_memory w) + 1) (m_sync_queue_memory_usage (w_memory w) + m_chunk_size l) (w_memory w).
Proof.
  intros Hw Hl Hi Hlt. destruct (wo_memory _ _ Hw) as [Hs _ _ En Eb _]. destruct (wo_sync _ _ Hw) as [Ec Eu].
  pose proof (Hs id l Hl) as Hsz. set (l' := with_queue (m_queue l ++ [i]) l).
  assert (Hq : queued l' = queued l + 1) by (unfold queued, zlen, l'; cbn; rewrite length_app; cbn; lia).
  assert (Hall : forall j k, <[id := l']> (w_lists w) !! j = Some k -> 0 < m_chunk_size k /\ queued k <= zlen (nodes k)).
  { intros j k Hj. apply lookup_insert_Some in Hj as [[_ <-]|[_ Hj]]; [|split; [apply Hs in Hj; lia|by apply (world_queues hs w Hw j)]].
    split; [cbn; lia|]. pose proof (wo_lists _ _ Hw id l Hl) as [A B _]. unfold queued, zlen, l'. cbn.
    rewrite <- (length_seq (length (nodes l)) 0). apply inj_le, submseteq_length, NoDup_submseteq.
    - apply NoDup_app. split_and!; [done| |apply NoDup_singleton]. intros x Hx Hx2%list_elem_of_singleton. by subst.
    - intros x Hx. apply elem_of_seq. apply elem_of_app in Hx as [Hx|Hx%list_elem_of_singleton]; [specialize (B x Hx); lia|subst; lia]. }
  pose proof (total_insert (fun l => m_chunk_size l * queued l) (w_lists w) id l l' Hl) as T1.
  pose proof (total_insert queued (w_lists w) id l l' Hl) as T2.
  pose proof (total_insert (fun l => m_chunk_size l * zlen (nodes l)) (w_lists w) id l l' Hl) as T3.
  pose proof (total_insert (fun l => zlen (nodes l)) (w_lists w) id l l' Hl) as T4.
  assert (T5 : total (fun l => m_chunk_size l * queued l) (<[id := l']> (w_lists w)) <= total (fun l => m_chunk_size l * zlen (nodes l)) (<[id := l']> (w_lists w))).
  { apply total_le. intros j k Hj. pose proof (Hall j k Hj). nia. }
  assert (T6 : total queued (<[id := l']> (w_lists w)) <= total (fun l => zlen (nodes l)) (<[id := l']> (w_lists w))).
  { apply total_le. intros j k Hj. by apply Hall in Hj as [_ ?]. }
  assert (T7 : 0 <= total queued (w_lists w)) by (apply total_nonneg; intros; unfold queued; apply zlen_nonneg).
  assert (T8 : 0 <= total (fun l => m_chunk_size l * queued l) (w_lists w)).
  { apply total_nonneg. intros j k Hj. apply Hs in Hj. pose proof (zlen_nonneg (m_queue k)). unfold queued. nia. }
  cbn beta in *. change (m_chunk_size l') with (m_chunk_size l) in *. change (nodes l') with (nodes l) in *. rewrite Hq in T1, T2.
  unfold account_sync_queue. rewrite u64_small, u32_small by nia. done.
Qed.

Section released.
Context (hs hs' : list held) (id i : nat) (wr blk : bool) (w : world) (l : chunk_list) (n : ChunkListNode).
Context (Hw : world_ok hs w) (Hp : hs ≡ₚ Held id i wr blk :: hs') (Hl : w_lists w !! id = Some l) (Hn : nodes l !! i = Some n).
Let q := b2z (bool_decide (i ∈ m_queue l)).

Lemma released_counts : m_references n = 1 + refs hs' id i + q /\ m_writable n = b2z wr + writers hs' id i + q /\
  m_blocking n = b2z blk + blockers hs' id i /\ is_valid n = true /\ 0 <= writers hs' id i <= refs hs' id i /\ 0 <= blockers hs' id i /\ 0 <= q <= 1.
Proof.
  pose proof (lo_node _ _ _ _ (wo_lists _ _ Hw id l Hl) i n Hn) as [N1 N2 N3 N4 _]. pose proof (refs_bound hs' id i) as (R1 & R2 & _).
  destruct (refs_perm hs (Held id i wr blk :: hs') id i Hp) as (C1 & C2 & C3). destruct (refs_cons (Held id i wr blk) hs' id i) as (D1 & D2 & D3).
  rewrite D1 in C1. rewrite D2 in C2. rewrite D3 in C3. rewrite on_same in C1, C2, C3. cbn [andb b2z d_writable d_blocking] in C1, C2, C3.
  fold q in N1, N2, N4. assert (0 <= q <= 1) by (unfold q; destruct (bool_decide _); cbn; lia).
  rewrite N1, N2, N3, N4, C1, C2, C3. split_and!; lia.
Qed.

Lemma released_world q' n' w' : NoDup q' -> (forall j, j <> i -> j ∈ q' <-> j ∈ m_queue l) ->
  node_ok (refs hs' id i + b2z (bool_decide (i ∈ q'))) (writers hs' id i + b2z (bool_decide (i ∈ q'))) (blockers hs' id i) n' ->
  w_lists w' = <[id := with_queue q' (with_node i n' l)]> (w_lists w) -> memory_ok w' -> sync_ok w' -> w_manager w' = w_manager w -> world_ok hs' w'.
Proof.
  intros Hd Hq Hok Hw' Hm Hs Hmg. eapply (world_ok_handles hs hs' w w' id i l q' n'); try done; [by eapply lookup_lt_Some|..].
  - intros j k Hne. destruct (refs_perm hs _ j k Hp) as (-> & -> & ->). destruct (refs_cons (Held id i wr blk) hs' j k) as (-> & -> & ->).
    by rewrite on_other.
  - intros x Hx. left. rewrite Hp. by right.
  - pose proof (wo_few _ _ Hw) as Hf. unfold zlen in *. rewrite Hp in Hf. cbn [length] in Hf. lia.
Qed.

Lemma released_memory n' : is_valid n' = true -> memory_ok (set_list id (with_node i n' l) w).
Proof. intros Hv. destruct released_counts as (_ & _ & _ & Hv' & _). eapply memory_node; [apply (wo_memory _ _ Hw)|done|done|congruence]. Qed.

(** The node stays in use. *)
Lemma released_stays n' : m_chunk n' = m_chunk n -> m_references n' = refs hs' id i + q -> m_writable n' = writers hs' id i + q ->
  m_blocking n' = blockers hs' id i -> 0 < m_references n' -> world_ok hs' (set_list id (with_node i n' l) w).
Proof.
  intros Hc H1 H2 H3 Hpos. destruct released_counts as (C1 & C2 & C3 & Hv & R1 & R2 & R3). pose proof (wo_lists _ _ Hw id l Hl) as Hok.
  assert (Hv' : is_valid n' = true) by (unfold is_valid; by rewrite Hc).
  apply (released_world (m_queue l) n'); [apply (lo_nodup _ _ _ _ Hok)|done| |done|by apply released_memory| |done].
  - fold q. constructor; [done|done|done|rewrite Hv', <- H1; symmetry; by apply Z.ltb_lt|].
    intros p Hpr Hpw. apply (no_prot _ _ _ _ (lo_node _ _ _ _ Hok i n Hn) p); [congruence|].
    pose proof (no_writers _ _ _ _ (lo_node _ _ _ _ Hok i n Hn)) as E. fold q in E |- *. rewrite <- E, C2. destruct wr; cbn; lia.
  - apply (sync_ok_list w _ id l (with_node i n' l)); [apply (wo_sync _ _ Hw)|done|done|done| |]; unfold queued; cbn; lia.
Qed.

(** The last one to write puts the node in the queue. *)
Lemma released_queued n' : wr = true -> m_writable n = 1 -> n' = set_counts (m_references n) (m_writable n) (m_blocking n - b2z blk) n ->
  (i ∉ m_queue l) /\
  world_ok hs' (set_memory (account_sync_queue (m_chunk_size l) (w_memory w)) (set_list id (with_queue (m_queue l ++ [i]) (with_node i n' l)) w)).
Proof.
  intros Hwr H1 ->. destruct released_counts as (C1 & C2 & C3 & Hv & R1 & R2 & R3). rewrite Hwr in C2. cbn [b2z] in C2.
  assert (Hni : i ∉ m_queue l) by (intros Hi; unfold q in *; rewrite (b2z_elem i _ Hi) in *; lia). split; [done|].
  pose proof (wo_lists _ _ Hw id l Hl) as Hok. rewrite (account_queue_room hs w id l i Hw Hl Hni) by (by eapply lookup_lt_Some).
  set (n1 := set_counts _ _ _ n). set (q' := m_queue l ++ [i]). set (l2 := with_queue q' (with_node i n1 l)).
  assert (Hi' : i ∈ q') by (apply elem_of_app; right; left). unfold q in *. rewrite (b2z_not_elem i _ Hni) in *.
  apply (released_world q' n1); [| | |done| | |done].
  - apply NoDup_app. split_and!; [apply (lo_nodup _ _ _ _ Hok)| |apply NoDup_singleton]. intros x Hx Hx2%list_elem_of_singleton. by subst.
  - intros j Hne. unfold q'. rewrite elem_of_app, list_elem_of_singleton. tauto.
  - rewrite (b2z_elem i q' Hi'). constructor; cbn [n1 m_references m_writable m_blocking set_counts]; [lia|lia|lia| |].
    + change (is_valid n1) with (is_valid n). rewrite Hv. symmetry. apply Z.ltb_lt. lia.
    + intros p Hpr _. apply (no_prot _ _ _ _ (lo_node _ _ _ _ Hok i n Hn) p Hpr).
      pose proof (no_writers _ _ _ _ (lo_node _ _ _ _ Hok i n Hn)) as E. lia.
  - pose proof (released_memory n1 Hv) as Hm.
    eapply (memory_list _ id (with_node i n1 l) l2 Hm); [apply set_list_lists|done|done|done|left; change (mapped l2) with (mapped (with_node i n1 l)); lia|reflexivity|reflexivity|cbn; by rewrite insert_insert_eq| |];
      change (mapped l2) with (mapped (with_node i n1 l)); cbn; lia.
  - apply (sync_ok_list w _ id l l2); [apply (wo_sync _ _ Hw)|done|done|done| |];
      assert (Hk : queued l2 - queued l = 1) by (unfold queued, zlen, l2, q'; cbn; rewrite length_app; cbn; lia); rewrite Hk; cbn; lia.
Qed.

(** The last one of all lets the chunk go. *)
Lemma released_unmaps n' : wr = false -> m_references n = 1 -> n' = set_counts 0 (m_writable n) (m_blocking n - b2z blk) n ->
  (i ∉ m_queue l) /\ exists w', clear_chunk id i (set_list id (with_node i n' l) w) = Ok w' /\ world_ok hs' w'.
Proof.
  intros Hwr H1 ->. destruct released_counts as (C1 & C2 & C3 & Hv & R1 & R2 & R3). rewrite Hwr in C2. cbn [b2z] in C2.
  assert (Hni : i ∉ m_queue l) by (intros Hi; unfold q in *; rewrite (b2z_elem i _ Hi) in *; lia). split; [done|].
  pose proof (wo_lists _ _ Hw id l Hl) as Hok. set (n2 := set_counts _ _ _ n). unfold q in *. rewrite (b2z_not_elem i _ Hni) in *.
  destruct (clear_chunk_ok id i (set_list id (with_node i n2 l) w) (with_node i n2 l) n2) as (w' & -> & Hw' & Hm' & (u & c & Ha'));
    [by apply released_memory|apply set_list_lists|cbn; apply list_lookup_insert_eq; by eapply lookup_lt_Some|done|].
  rewrite with_node_twice in Hw'. cbn in Hw'. rewrite insert_insert_eq in Hw'. exists w'. split; [done|].
  apply (released_world (m_queue l) (set_chunk None n2)); [apply (lo_nodup _ _ _ _ Hok)|done| |done|done| |by rewrite Ha'].
  - rewrite (b2z_not_elem i _ Hni). constructor; cbn [n2 set_chunk set_counts m_references m_writable m_blocking m_chunk]; [lia|lia|lia| |done].
    rewrite (proj2 (Z.ltb_ge _ _)) by lia. done.
  - apply (sync_ok_list w _ id l (with_node i (set_chunk None n2) l)); [apply (wo_sync _ _ Hw)|done|done|done| |]; rewrite Ha'; unfold queued; cbn; lia.
Qed.
End released.

Lemma release_ok hs hs' id i wr blk e w : world_ok hs w -> hs ≡ₚ Held id i wr blk :: hs' ->
  exists w', release id (Handle (Some (id, i)) wr blk e) w = Ok w' /\ world_ok hs' w'.
Proof.
  intros Hw Hp. destruct (wo_handles _ _ Hw (Held id i wr blk)) as (l & Hl & Hlt); [rewrite Hp; left|]. cbn in Hl, Hlt.
  destruct (lookup_lt_is_Some_2 _ _ Hlt) as (n & Hn). destruct (released_counts hs hs' id i wr blk w l n Hw Hp Hl Hn) as (C1 & C2 & C3 & Hv & R1 & R2 & R3).
  unfold release. cbn [h_node h_writable h_blocking]. rewrite (get_list_eq id w l Hl). cbn [mbind res_bind].
  rewrite (proj2 (Nat.eqb_neq (length (nodes l)) 0)) by lia. cbn [ub_when mbind res_bind]. rewrite bool_decide_eq_true_2 by done.
  rewrite (proj2 (Nat.leb_gt _ _)) by done. cbn [negb orb throw_when mbind res_bind]. rewrite (get_node_eq id i w l n) by done. cbn [mbind res_bind].
  assert ((m_references n <=? 0) || (wr && (m_writable n <=? 0)) || (blk && (m_blocking n <=? 0)) = false) as ->.
  { rewrite (proj2 (Z.leb_gt (m_references n) 0)) by lia. apply orb_false_iff.
    split; [destruct wr|destruct blk]; cbn [andb orb b2z] in *; (apply Z.leb_gt; lia) || done. }
  cbn [throw_when mbind res_bind]. set (n1 := set_counts (m_references n) (m_writable n) (m_blocking n - b2z blk) n).
  assert ((if blk then dec_blocking n else Ok n) = Ok n1) as ->.
  { destruct blk; [|unfold n1; cbn; rewrite Z.sub_0_r; by destruct n]. unfold dec_blocking, int_dec. by rewrite (proj2 (Z.leb_gt _ _)) by (cbn in *; lia). }
  cbn [mbind res_bind]. rewrite (set_node_eq id i n1 w l) by done. destruct wr; cbn [b2z] in C2.
  - destruct (m_writable n1 =? 1) eqn:Ew; cbn [m_writable n1 set_counts] in Ew; bool_prop.
    + destruct (released_queued hs hs' id i true blk w l n Hw Hp Hl Hn n1 eq_refl Ew eq_refl) as [Hni Hok].
      unfold is_queued. rewrite (bool_decide_eq_false_2 _ Hni). cbn [throw_when mbind res_bind].
      unfold set_queue. rewrite set_list_lists, set_list_twice. eexists. split; [reflexivity|exact Hok].
    + rewrite dec_rw_ok by (cbn; lia). cbn [mbind res_bind]. set (n2 := set_counts _ _ _ n1).
      rewrite (set_node_eq id i n2 _ (with_node i n1 l)) by apply set_list_lists. rewrite set_list_twice, with_node_twice.
      eexists. split; [reflexivity|]. eapply released_stays; try done; cbn; lia.
  - assert (dec_references n1 = Ok (set_counts (m_references n - 1) (m_writable n) (m_blocking n - b2z blk) n)) as ->.
    { unfold dec_references, int_dec. cbn [n1 set_counts m_references]. by rewrite (proj2 (Z.leb_gt _ _)) by lia. }
    cbn [mbind res_bind]. set (n2 := set_counts _ _ _ n). cbn [m_references n2 set_counts].
    rewrite (set_node_eq id i n2 _ (with_node i n1 l)) by apply set_list_lists. rewrite set_list_twice, with_node_twice.
    destruct (m_references n - 1 =? 0) eqn:E0; bool_prop.
    + destruct (released_unmaps hs hs' id i false blk w l n Hw Hp Hl Hn n2 eq_refl ltac:(lia) ltac:(unfold n2; by rewrite E0)) as (Hni & w' & E & Hok).
      unfold is_queued. rewrite (bool_decide_eq_false_2 _ Hni). cbn [throw_when mbind res_bind]. by exists w'.
    + eexists. split; [reflexivity|]. eapply released_stays; try done; cbn; lia.
Qed.

(** ** Clearing a list *)

Definition unheld (hs : list held) (id : nat) : Prop := forall i, refs hs id i = 0.

Lemma unheld_all hs id : unheld hs id -> forall h, h ∈ hs -> d_list h <> id.
Proof.
  intros Hu h Hh E. specialize (Hu (d_node h)). unfold refs in Hu. assert (count (on id (d_node h)) hs <> 0%nat); [|lia].
  intros Hz. unfold count in Hz. apply length_zero_iff_nil in Hz. apply list_elem_of_In in Hh.
  assert (Hf : In h (List.filter (on id (d_node h)) hs)); [|by rewrite Hz in Hf]. apply filter_In. split; [done|].
  unfold on. by rewrite E, !Nat.eqb_refl.
Qed.

Lemma list_clear_queue_ok hs id q : unheld hs id -> forall w l, memory_ok w -> w_lists w !! id = Some l -> list_ok hs id q l ->
  exists w' l', clear_queue id q w = Ok w' /\ w_lists w' = <[id := l']> (w_lists w) /\ memory_ok w' /\ adjusted w w' /\
    m_queue l' = m_queue l /\ m_chunk_size l' = m_chunk_size l /\ m_manager l' = m_manager l /\ length (nodes l') = length (nodes l) /\ list_ok hs id [] l'.
Proof.
  intros Hu. induction q as [|i q IH]; intros w l Hm Hl Hq; cbn [clear_queue].
  { exists w, l. split_and!; [done|by rewrite insert_id|done..]. }
  assert (Hi : i ∈ i :: q) by left. destruct (lookup_lt_is_Some_2 _ _ (lo_queue _ _ _ _ Hq i Hi)) as (n & Hn).
  pose proof (lo_node _ _ _ _ Hq i n Hn) as [N1 N2 N3 N4 N5]. rewrite (b2z_elem i _ Hi) in *. rewrite (Hu i) in *.
  pose proof (refs_bound hs id i) as (R1 & R2 & _). rewrite (Hu i) in R1, R2.
  rewrite (get_node_eq id i w l n) by done. cbn [mbind res_bind].
  rewrite (proj2 (Z.eqb_eq (m_references n) 1)), (proj2 (Z.eqb_eq (m_writable n) 1)) by lia. cbn [negb orb throw_when mbind res_bind].
  rewrite dec_rw_ok by lia. cbn [mbind res_bind]. set (n1 := set_counts _ _ _ n). rewrite (set_node_eq id i n1 w l) by done.
  assert (Hv : is_valid n = true) by (rewrite N4; done). assert (Hlt : (i < length (nodes l))%nat) by by eapply lookup_lt_Some.
  destruct (clear_chunk_ok id i (set_list id (with_node i n1 l) w) (with_node i n1 l) n1) as (w1 & -> & Hw1 & Hm1 & Ha1);
    [by eapply memory_node|apply set_list_lists|cbn; by apply list_lookup_insert_eq|done|].
  rewrite with_node_twice in Hw1. cbn in Hw1. rewrite insert_insert_eq in Hw1. cbn [mbind res_bind].
  pose proof (lo_nodup _ _ _ _ Hq) as Hd. apply NoDup_cons in Hd as [Hni Hd].
  destruct (IH w1 (with_node i (set_chunk None n1) l) Hm1) as (w' & l' & E & F1 & F2 & F3 & F4 & F5 & G & F6 & F7); [rewrite Hw1; apply lookup_insert_eq| |].
  { apply (list_ok_node hs id (i :: q)); [done|done|done|intros j Hne; rewrite elem_of_cons; tauto|]. rewrite (b2z_not_elem i q Hni), (Hu i).
    constructor; cbn [n1 set_chunk set_counts m_references m_writable m_blocking m_chunk]; [lia|lia|lia|done|done]. }
  exists w', l'. split_and!; [done|by rewrite F1, Hw1, insert_insert_eq|done| |done|done|done|rewrite F6; cbn; by rewrite length_insert|done].
  etrans; [|exact F3]. etrans; [apply adjusted_list|exact Ha1].
Qed.

Lemma no_valid_nodes hs id l : unheld hs id -> list_ok hs id [] l -> forall n, n ∈ nodes l ->
  is_valid n = false /\ m_references n = 0 /\ m_writable n = 0 /\ m_blocking n = 0.
Proof.
  intros Hu [_ _ Hn] n (i & Hi)%list_elem_of_lookup. destruct (Hn i n Hi) as [N1 N2 N3 N4 _].
  rewrite (b2z_not_elem i []) in * by (by intros ?%elem_of_nil). rewrite (Hu i) in *.
  pose proof (refs_bound hs id i) as (R1 & R2 & _). rewrite (Hu i) in R1, R2. split_and!; [rewrite N4; done|lia|lia|lia].
Qed.

Lemma existsb_none {A} (f : A -> bool) l : (forall x, x ∈ l -> f x = false) -> existsb f l = false.
Proof. induction l as [|a l IH]; intros Hf; [done|]. cbn. rewrite (Hf a) by left. apply IH. intros x Hx. apply Hf. by right. Qed.

Lemma mapped_none l : (forall n, n ∈ nodes l -> is_valid n = false) -> mapped l = 0.
Proof. intros Hn. unfold mapped. assert (E : count is_valid (nodes l) = 0%nat) by (by apply count_zero, Forall_forall). by rewrite E. Qed.

Lemma list_clear_ok hs id w l : world_ok hs w -> w_lists w !! id = Some l -> unheld hs id ->
  exists w', clear id w = Ok w' /\ world_ok hs w' /\ w_lists w' = <[id := List [] [] (m_chunk_size l) (m_manager l)]> (w_lists w) /\ w_manager w' = w_manager w /\
    w_errors w' = w_errors w /\ w_held w' = w_held w /\ m_max_memory_usage (w_memory w') = m_max_memory_usage (w_memory w).
Proof.
  intros Hw Hl Hu. unfold clear. rewrite (get_list_eq id w l Hl). cbn [mbind res_bind]. pose proof (wo_lists _ _ Hw id l Hl) as Hq.
  destruct (list_clear_queue_ok hs id (m_queue l) Hu w l (wo_memory _ _ Hw) Hl Hq) as (w1 & l1 & -> & F1 & F2 & (u & c & Ew1) & F4 & F5 & G & F6 & F7).
  cbn [mbind res_bind]. assert (Hl1 : w_lists w1 !! id = Some l1) by (rewrite F1; apply lookup_insert_eq).
  assert (Hsync1 : sync_ok w1).
  { eapply (sync_ok_list w w1 id l l1); [apply (wo_sync _ _ Hw)|done|done|done| |]; unfold queued; rewrite F4, Z.sub_diag, ?Z.mul_0_r, Z.add_0_r, Ew1; done. }
  pose proof (release_queue_ok w1 id l1 (queued l1) F2 Hsync1 Hl1 ltac:(unfold queued; pose proof (zlen_nonneg (m_queue l1)); lia)) as Hrel.
  rewrite F5 in Hrel. unfold queued in Hrel. rewrite F4 in Hrel. rewrite Hrel; clear Hrel.
  2: { rewrite F1. intros j k Hj. apply lookup_insert_Some in Hj as [[<- <-]|[_ Hj]]; [|by apply (world_queues hs w Hw j)].
       unfold queued, zlen. rewrite F4, F6. pose proof (queue_length _ _ _ _ Hq). lia. }
  cbn [mbind res_bind]. set (m1 := set_sync_queue _ _ _).
  assert (Hset : set_queue id [] (set_memory m1 w1) = set_list id (with_queue [] l1) (set_memory m1 w1)).
  { unfold set_queue. change (w_lists (set_memory m1 w1)) with (w_lists w1). by rewrite Hl1. }
  rewrite Hset. unfold get_list. rewrite set_list_lists. cbn [of_deref mbind res_bind nodes with_queue m_chunk_size m_manager].
  pose proof (no_valid_nodes hs id l1 Hu F7) as Hnone.
  rewrite !existsb_none by (intros x Hx; destruct (Hnone x Hx) as (H1 & H2 & H3 & H4); rewrite ?H1, ?H2, ?H3, ?H4; done).
  cbn [throw_when mbind res_bind]. rewrite set_list_twice. set (l2 := List [] [] (m_chunk_size l1) (m_manager l1)). set (w2 := set_list id l2 (set_memory m1 w1)).
  assert (Hw2 : w_lists w2 = <[id := l2]> (w_lists w)) by (cbn; by rewrite F1, insert_insert_eq).
  assert (Hmap : mapped l1 = 0) by (apply mapped_none; intros n Hn; by apply Hnone).
  pose proof (zlen_nonneg (nodes l1)) as Hz. destruct (F2) as [A1 A2 A3 A4 A5 A6]. pose proof (A1 id l1 Hl1) as Hsz.
  assert (Hm1 : forall x, w_memory (set_list id x (set_memory m1 w1)) = m1) by done.
  eexists. split; [reflexivity|]. split_and!; [|by rewrite Hw2; unfold l2; rewrite F5, G|unfold w2; rewrite Ew1; done..|cbn; rewrite Ew1; done].
  constructor.
  - intros j k Hj. rewrite Hw2 in Hj. apply lookup_insert_Some in Hj as [[<- <-]|[_ Hj]]; [|by apply (wo_lists _ _ Hw)].
    constructor; [constructor|by intros x ?%elem_of_nil|done].
  - constructor; unfold w2; rewrite ?Hm1; cbn [set_list set_lists w_lists set_memory]; rewrite ?(total_insert _ _ id l1 l2 Hl1).
    + intros j k Hj. apply lookup_insert_Some in Hj as [[<- <-]|[_ Hj]]; [done|by eapply A1].
    + cbn [m1 set_sync_queue m_memory_usage]. rewrite A2, Hmap. unfold l2, mapped. cbn. lia.
    + cbn [m1 set_sync_queue m_memory_block_count]. rewrite A3, Hmap. unfold l2, mapped. cbn. lia.
    + unfold l2, zlen at 3. cbn. lia.
    + unfold l2, zlen at 3. cbn. nia.
    + intros j k Hj Hk. apply lookup_insert_Some in Hj as [[<- <-]|[_ Hj]]; [by unfold mapped in Hk|by eapply A6].
  - apply (sync_ok_list w1 w2 id l1 l2); [done|done|done|done| |]; unfold queued, l2, zlen at 1; cbn [m_queue length w2 set_list set_lists set_memory w_memory m1 set_sync_queue m_sync_queue_block_count m_sync_queue_memory_usage]; rewrite F4, ?F5; lia.
  - intros h Hh. destruct (wo_handles _ _ Hw h Hh) as (k & Hk & Hlt). exists k. split; [|done]. rewrite Hw2, lookup_insert_ne; [done|].
    intros E. by apply (unheld_all hs id Hu h Hh).
  - apply (wo_few _ _ Hw).
  - intros j Hj. rewrite Hw2, lookup_insert_is_Some'. right. apply (wo_manager _ _ Hw). revert Hj. unfold w2. rewrite Ew1. done.
  - unfold w2. rewrite Ew1. apply (wo_many _ _ Hw).
  - unfold w2. rewrite Ew1. apply (wo_unique _ _ Hw).
  - intros j k Hj. rewrite Hw2 in Hj. assert (w_manager w2 = w_manager w) as -> by (unfold w2; rewrite Ew1; done).
    apply lookup_insert_Some in Hj as [[<- <-]|[_ Hj]]; [cbn [l2 m_manager]; rewrite G|]; by apply (wo_managed _ _ Hw).
Qed.

(** ** Storage errors *)

(** A change of one list, its nodes and its queue, and of the accounts. *)
Record framed (id : nat) (w w' : world) : Prop := {
  fr_list l : w_lists w !! id = Some l -> exists l', w_lists w' = <[id := l']> (w_lists w) /\ m_chunk_size l' = m_chunk_size l /\ m_manager l' = m_manager l;
  fr_manager : w_manager w' = w_manager w;
  fr_errors : w_errors w' = w_errors w;
  fr_held : w_held w' = w_held w;
  fr_max : m_max_memory_usage (w_memory w') = m_max_memory_usage (w_memory w);
}.

#[export] Instance framed_refl id : Reflexive (framed id).
Proof. intros w. constructor; [|done..]. intros l Hl. exists l. by rewrite insert_id. Qed.
#[export] Instance framed_trans id : Transitive (framed id).
Proof.
  intros a b c [A1 A2 A3 A4 A5] [B1 B2 B3 B4 B5]. constructor; [|congruence..]. intros l Hl. destruct (A1 l Hl) as (l1 & E1 & S1 & M1).
  destruct (B1 l1) as (l2 & E2 & S2 & M2); [rewrite E1; apply lookup_insert_eq|]. exists l2. rewrite E2, E1, insert_insert_eq. by split_and!; [|congruence..].
Qed.

Lemma framed_node id i n w : framed id w (set_node id i n w).
Proof. unfold set_node. destruct (w_lists w !! id) as [l|] eqn:E; [|done]. constructor; [|done..]. intros k Hk. assert (k = l) as -> by congruence. by eexists. Qed.
Lemma framed_queue id q w : framed id w (set_queue id q w).
Proof. unfold set_queue. destruct (w_lists w !! id) as [l|] eqn:E; [|done]. constructor; [|done..]. intros k Hk. assert (k = l) as -> by congruence. by eexists. Qed.
Lemma framed_memory id m w : m_max_memory_usage m = m_max_memory_usage (w_memory w) -> framed id w (set_memory m w).
Proof. intros Hm. constructor; [|done..]. intros l Hl. exists l. by rewrite insert_id. Qed.

Lemma framed_clear_chunk id i w w' : clear_chunk id i w = Ok w' -> framed id w w'.
Proof.
  unfold clear_chunk, deallocate, release_memory_block. intros E. res_inv. etrans; [apply framed_node|]. by apply framed_memory.
Qed.

Ltac framed_step :=
  match goal with
  | |- framed _ ?w ?w => reflexivity
  | |- framed _ _ (set_memory _ _) => etrans; [|apply framed_memory; reflexivity]
  | |- framed _ _ (set_node _ _ _ _) => etrans; [|apply framed_node]
  | |- framed _ _ (set_queue _ _ _) => etrans; [|apply framed_queue]
  | H : clear_chunk _ _ _ = Ok ?w' |- framed _ _ ?w' => etrans; [|eapply framed_clear_chunk, H]
  end.

Lemma framed_release id h w w' : release id h w = Ok w' -> framed id w w'.
Proof.
  unfold release. intros E. destruct (h_node h) as [[id' i]|]; [|done]. res_inv.
  repeat (match type of E with context [if ?b then _ else _] => destruct b end; res_inv); repeat framed_step.
Qed.

Lemma release_all_ok id hs hs' : forall w, world_ok (hs ++ hs') w -> Forall (fun h => d_list h = id) hs ->
  exists w', release_all hs w = Ok w' /\ world_ok hs' w' /\ framed id w w'.
Proof.
  induction hs as [|[j i wr blk] hs IH]; intros w Hw Hf; [by exists w|]. apply Forall_cons in Hf as [Ej Hf]. cbn in Ej. subst j. cbn [release_all].
  destruct (release_ok _ (hs ++ hs') id i wr blk 0 w Hw (reflexivity _)) as (w1 & E & Hw1). unfold handle_of. cbn [d_list d_node d_writable d_blocking].
  rewrite E. cbn [mbind res_bind]. destruct (IH w1 Hw1 Hf) as (w' & E' & Hw' & Hfr). exists w'. split_and!; [done|done|].
  etrans; [by eapply framed_release|done].
Qed.

Lemma filter_split {A} (f : A -> bool) l : List.filter f l ++ List.filter (fun x => negb (f x)) l ≡ₚ l.
Proof. induction l as [|a l IH]; [done|]. cbn. destruct (f a); cbn; [by rewrite IH|]. by rewrite <- Permutation_middle, IH. Qed.

Lemma world_ok_perm hs hs' w : hs ≡ₚ hs' -> world_ok hs w -> world_ok hs' w.
Proof.
  intros Hp [H1 H2 H3 H4 H5 H6 H7 H8 H9]. constructor; try done.
  - intros id l Hl. apply (list_ok_handles hs); [by apply H1|]. intros k. by apply refs_perm.
  - intros h Hh. apply H4. by rewrite Hp.
  - unfold zlen. by rewrite <- Hp.
Qed.

Definition closed (l : chunk_list) : chunk_list := List [] [] (m_chunk_size l) (m_manager l).

(** A storage error closes the download, and returns. *)
Lemma storage_error_ok env id w l : world_ok (w_held w) w -> w_lists w !! id = Some l ->
  exists w', storage_error env id w = Ok w' /\ world_ok (w_held w') w' /\ w_lists w' = <[id := closed l]> (w_lists w) /\
    w_manager w' = w_manager w /\ w_errors w' = w_errors w ++ [id] /\ w_held w' = List.filter (fun h => negb (of_list id h)) (w_held w) /\
    m_max_memory_usage (w_memory w') = m_max_memory_usage (w_memory w).
Proof.
  intros Hw Hl. unfold storage_error. set (w0 := World _ _ _ _ _ _ _). set (rest := List.filter (fun h => negb (of_list id h)) (w_held w)) in *.
  destruct (release_all_ok id (List.filter (of_list id) (w_held w)) rest w0) as (w1 & -> & Hw1 & F1).
  { eapply world_ok_perm; [symmetry; apply filter_split|]. by apply (world_ok_fields _ w). }
  { apply Forall_forall. intros h Hh. apply list_elem_of_In, filter_In in Hh as [_ Hh]. by apply Nat.eqb_eq in Hh. }
  cbn [mbind res_bind]. destruct (fr_list _ _ _ F1 l Hl) as (l1 & L1 & S1 & M1). assert (Hl1 : w_lists w1 !! id = Some l1) by (rewrite L1; apply lookup_insert_eq).
  destruct (sync_queue_ok env rest id (Z.lor (Z.lor sync_all sync_force) (Z.lor sync_sloppy sync_ignore_error)) w1 l1 Hw1 Hl1) as (f & w2 & l2 & -> & Hw2 & Hsy & _).
  cbn [mbind res_bind]. assert (Hl2 : w_lists w2 !! id = Some l2) by (rewrite (sy_list _ _ _ _ _ _ _ _ Hsy); apply lookup_insert_eq).
  assert (Hu : unheld rest id).
  { intros i. unfold refs. assert (Hz : count (on id i) rest = 0%nat); [|by rewrite Hz]. apply count_zero, Forall_forall. intros h Hh.
    apply list_elem_of_In, filter_In in Hh as [_ Hh]. unfold on. unfold of_list in Hh. by destruct (d_list h =? id)%nat. }
  destruct (list_clear_ok rest id w2 l2 Hw2 Hl2 Hu) as (w' & -> & Hw' & L3 & G3 & R3 & D3 & X3). destruct Hsy as [Y1 Y2 _ Y4 Y5 Y6 Y7 Y8 _].
  destruct F1 as [_ F2 F3 F4 F5]. assert (Hheld : w_held w' = rest) by (by rewrite D3, Y7, F4). exists w'. rewrite Hheld.
  split_and!; [done|done| |by rewrite G3, Y4, F2|by rewrite R3, Y6, F3|done|].
  - rewrite L3, Y1, L1, !insert_insert_eq. unfold closed. cbn. congruence.
  - rewrite X3, Y8, F5. done.
Qed.

(** ** The manager *)

(** A list after a sync: as many nodes, no more chunks, and none where there
    was none; or it was closed by a storage error. *)
Definition list_shrunk (errs : list nat) (id : nat) (l l' : chunk_list) : Prop :=
  m_chunk_size l' = m_chunk_size l /\ m_manager l' = m_manager l /\ mapped l' <= mapped l /\
  ((nodes l' = [] /\ id ∈ errs) \/
   length (nodes l') = length (nodes l) /\ forall i n, nodes l !! i = Some n -> m_chunk n = None -> exists n', nodes l' !! i = Some n' /\ m_chunk n' = None).

(** Syncs of some lists, with the storage errors [errs] in their order. *)
Record shrunk (errs : list nat) (w w' : world) : Prop := {
  sh_list id l : w_lists w !! id = Some l -> exists l', w_lists w' !! id = Some l' /\ list_shrunk errs id l l';
  sh_dom id : is_Some (w_lists w' !! id) -> is_Some (w_lists w !! id);
  sh_manager : w_manager w' = w_manager w;
  sh_max : m_max_memory_usage (w_memory w') = m_max_memory_usage (w_memory w);
  sh_errors : w_errors w' = w_errors w ++ errs;
  sh_held : zlen (w_held w') <= zlen (w_held w);
}.

Lemma list_shrunk_refl id l : list_shrunk [] id l l.
Proof. split_and!; [done|done|done|]. right. split; [done|]. intros i n Hi Hn. by exists n. Qed.

Lemma shrunk_fields w w' : w_lists w' = w_lists w -> w_manager w' = w_manager w -> w_memory w' = w_memory w -> w_errors w' = w_errors w ->
  w_held w' = w_held w -> shrunk [] w w'.
Proof.
  intros E1 E2 E3 E4 E5. constructor; [|by rewrite E1|done|by rewrite E3|by rewrite app_nil_r|by rewrite E5].
  intros id l Hl. exists l. rewrite E1. split; [done|apply list_shrunk_refl].
Qed.

Lemma list_shrunk_trans e1 e2 id a b c : list_shrunk e1 id a b -> list_shrunk e2 id b c -> list_shrunk (e1 ++ e2) id a c.
Proof.
  intros (S1 & M1 & N1 & C1) (S2 & M2 & N2 & C2). split_and!; [congruence|congruence|lia|].
  destruct C1 as [[Hn He]|[L1 K1]], C2 as [[Hn2 He2]|[L2 K2]].
  - left. split; [done|apply elem_of_app; by left].
  - left. split; [|apply elem_of_app; by left]. rewrite Hn in L2. by apply length_zero_iff_nil in L2.
  - left. split; [done|apply elem_of_app; by right].
  - right. split; [congruence|]. intros i n Hi Hc. destruct (K1 i n Hi Hc) as (n1 & H1 & H2). by apply (K2 i n1).
Qed.

Lemma shrunk_trans e1 e2 a b c : shrunk e1 a b -> shrunk e2 b c -> shrunk (e1 ++ e2) a c.
Proof.
  intros [L1 D1 M1 X1 E1 H1] [L2 D2 M2 X2 E2 H2].
  constructor; [|intros id Hid; by apply D1, D2|congruence|congruence|by rewrite E2, E1, <- app_assoc|lia]. intros id l Hl.
  destruct (L1 id l Hl) as (l1 & Hl1 & Q1). destruct (L2 id l1 Hl1) as (l2 & Hl2 & Q2). exists l2. split; [done|by eapply list_shrunk_trans].
Qed.

Lemma count_forall2 {A} (f : A -> bool) l l' : Forall2 (fun a b => f a = true -> f b = true) l l' -> (count f l <= count f l')%nat.
Proof. induction 1 as [|a b l l' Hab _ IH]; [done|]. rewrite !count_cons. destruct (f a), (f b); lia. Qed.

(** A list whose queue got shorter, with the same handles. *)
Lemma queue_shrunk hs id l l' : list_ok hs id (m_queue l) l -> list_ok hs id (m_queue l') l' -> length (nodes l') = length (nodes l) ->
  m_queue l' ⊆ m_queue l -> m_chunk_size l' = m_chunk_size l -> m_manager l' = m_manager l -> list_shrunk [] id l l'.
Proof.
  intros [_ _ H1] [_ _ H2] Hlen Hq Hsz Hmg.
  assert (Hv : forall i n n', nodes l !! i = Some n -> nodes l' !! i = Some n' -> is_valid n' = true -> is_valid n = true).
  { intros i n n' Hn Hn'. destruct (H1 i n Hn) as [_ _ _ V1 _]. destruct (H2 i n' Hn') as [_ _ _ V2 _]. rewrite V1, V2. intros Hlt%Z.ltb_lt. apply Z.ltb_lt.
    destruct (decide (i ∈ m_queue l')) as [Hi|Hi]; [rewrite (b2z_elem i (m_queue l)) by set_solver|rewrite (b2z_not_elem i _ Hi) in Hlt; unfold b2z; case_match];
      pose proof (refs_bound hs id i); lia. }
  split_and!; [done|done| |].
  - unfold mapped. apply inj_le, count_forall2. apply Forall2_same_length_lookup_2; [done|]. intros i n' n Hn' Hn. by apply (Hv i).
  - right. split; [done|]. intros i n Hn Hc. destruct (lookup_lt_is_Some_2 (nodes l') i) as (n' & Hn'); [rewrite Hlen; by eapply lookup_lt_Some|].
    exists n'. split; [done|]. destruct (m_chunk n') eqn:E; [|done]. exfalso.
    specialize (Hv i n n' Hn Hn'). unfold is_valid in Hv. rewrite E, Hc in Hv. by specialize (Hv eq_refl).
Qed.

Lemma synced_shrunk env hs id flags w w' l l' failed : world_ok hs w -> world_ok hs w' -> w_lists w !! id = Some l ->
  synced env id flags w w' l l' failed -> shrunk [] w w'.
Proof.
  intros Hw Hw' Hl [S1 S2 S3 S4 S5 S6 S7 S8 (rest & tried & T1 & T2 & _)].
  constructor; [|intros j; rewrite S1, lookup_insert_is_Some'; intros [<-|Hj]; [by exists l|done]|done|done|by rewrite app_nil_r|by rewrite S7].
  intros j k Hj. rewrite S1.
  destruct (decide (j = id)) as [->|Hne]; [|exists k; rewrite lookup_insert_ne by done; split; [done|apply list_shrunk_refl]].
  exists l'. rewrite lookup_insert_eq. assert (k = l) as -> by congruence. split; [done|].
  apply (queue_shrunk hs); [by apply (wo_lists _ _ Hw)|apply (wo_lists _ _ Hw'); rewrite S1; apply lookup_insert_eq|done| |done|done].
  rewrite T2. intros x Hx. rewrite T1. apply elem_of_app in Hx as [Hx|Hx]; apply elem_of_app; [by left|right].
  apply list_elem_of_In in Hx. apply filter_In in Hx as [Hx _]. by apply list_elem_of_In.
Qed.

Lemma closed_shrunk id w w' l : w_lists w !! id = Some l -> w_lists w' = <[id := closed l]> (w_lists w) -> w_manager w' = w_manager w ->
  w_errors w' = w_errors w ++ [id] -> zlen (w_held w') <= zlen (w_held w) ->
  m_max_memory_usage (w_memory w') = m_max_memory_usage (w_memory w) -> shrunk [id] w w'.
Proof.
  intros Hl Hw Hm He Hh Hx. constructor; [|intros j; rewrite Hw, lookup_insert_is_Some'; intros [<-|Hj]; [by exists l|done]|done..].
  intros j k Hj. rewrite Hw. destruct (decide (j = id)) as [->|Hne].
  - exists (closed l). rewrite lookup_insert_eq. assert (k = l) as -> by congruence. split; [done|]. pose proof (mapped_bounds l).
    split_and!; [done|done|by change (mapped (closed l)) with 0; lia|]. left. split; [done|left].
  - exists k. rewrite lookup_insert_ne by done. split; [done|]. pose proof (list_shrunk_refl j k) as (H1 & H2 & H3 & [[_ []%elem_of_nil]|H4]). split_and!; auto.
Qed.

Lemma zlen_filter {A} (f : A -> bool) l : zlen (List.filter f l) <= zlen l.
Proof. unfold zlen. apply inj_le, count_le. Qed.

(** Syncing a list always returns; a failure closes the list. *)
Lemma sync_chunks_ok env id flags w l : world_ok (w_held w) w -> w_lists w !! id = Some l ->
  exists failed w' errs, sync_chunks env id flags w = Ok (failed, w') /\ world_ok (w_held w') w' /\ shrunk errs w w'.
Proof.
  intros Hw Hl. unfold sync_chunks. destruct (sync_queue_ok env (w_held w) id flags w l Hw Hl) as (failed & w1 & l1 & -> & Hw1 & Hsy & _).
  cbn [mbind res_bind]. pose proof (synced_shrunk _ _ _ _ _ _ _ _ _ Hw Hw1 Hl Hsy) as Hsh. pose proof (sy_held _ _ _ _ _ _ _ _ Hsy) as Hheld.
  destruct (negb (failed =? 0) && _); [|exists failed, w1, []; by rewrite Hheld].
  destruct (storage_error_ok env id w1 l1) as (w' & -> & Hw' & L & G & R & D & X);
    [by rewrite Hheld|rewrite (sy_list _ _ _ _ _ _ _ _ Hsy); apply lookup_insert_eq|].
  cbn [mbind res_bind]. exists failed, w', [id]. split_and!; [done|done|]. apply (shrunk_trans [] [id] w w1 w' Hsh).
  eapply (closed_shrunk id w1 w' l1); try done; [rewrite (sy_list _ _ _ _ _ _ _ _ Hsy); apply lookup_insert_eq|rewrite D; apply zlen_filter].
Qed.

(** The visits left before the loop is back where it began. *)
Definition visits_left (n itr stop : nat) : nat := if (stop <=? itr)%nat then (n - itr + stop)%nat else (stop - itr)%nat.

Lemma sync_lists_ok env flags target steps : forall itr stop w, world_ok (w_held w) w ->
  (1 <= stop <= length (w_manager w))%nat -> (itr <= length (w_manager w))%nat -> (visits_left (length (w_manager w)) itr stop <= steps)%nat ->
  exists w' errs, sync_lists env flags target steps itr stop w = Ok w' /\ world_ok (w_held w') w' /\ shrunk errs w w'.
Proof.
  induction steps as [|steps IH]; intros itr stop w Hw Hstop Hitr Hv; cbn [sync_lists].
  { unfold visits_left in Hv. destruct (stop <=? itr)%nat eqn:E; [apply Nat.leb_le in E|apply Nat.leb_gt in E]; lia. }
  set (p := if (length (w_manager w) <=? itr)%nat then 0%nat else itr).
  assert (Hp : (p < length (w_manager w))%nat /\ (p = itr \/ itr = length (w_manager w) /\ p = 0%nat)).
  { unfold p. destruct (length (w_manager w) <=? itr)%nat eqn:E; [apply Nat.leb_le in E|apply Nat.leb_gt in E]; lia. }
  destruct Hp as [Hp Hcase]. destruct (lookup_lt_is_Some_2 _ _ Hp) as (id & Hid). rewrite Hid. cbn [of_deref mbind res_bind].
  destruct (wo_manager _ _ Hw id ltac:(by eapply list_elem_of_lookup_2)) as (l & Hl).
  destruct (sync_chunks_ok env id flags w l Hw Hl) as (failed & w1 & errs & -> & Hw1 & Hsh). cbn [mbind res_bind].
  destruct (_ || _) eqn:Estop.
  - eexists _, errs. split_and!; [reflexivity|by apply (world_ok_fields (w_held w1) w1)|]. rewrite <- (app_nil_r errs).
    eapply shrunk_trans; [exact Hsh|by apply shrunk_fields].
  - apply orb_false_iff in Estop as [Estop _]. apply Nat.eqb_neq in Estop. pose proof (sh_manager _ _ _ Hsh) as Hmg.
    destruct (IH (S p) stop w1 Hw1) as (w' & errs2 & E & H1 & H2); [rewrite Hmg; lia|rewrite Hmg; lia| |].
    + rewrite Hmg. unfold visits_left in *. destruct (stop <=? itr)%nat eqn:E1; [apply Nat.leb_le in E1|apply Nat.leb_gt in E1];
        destruct (stop <=? S p)%nat eqn:E2; [apply Nat.leb_le in E2|apply Nat.leb_gt in E2|apply Nat.leb_le in E2|apply Nat.leb_gt in E2];
        destruct Hcase as [->|[-> ->]]; lia.
    + exists w', (errs ++ errs2). split_and!; [done|done|by eapply shrunk_trans].
Qed.

Lemma manager_sync_all_ok env flags target w : world_ok (w_held w) w ->
  exists w' errs, manager_sync_all env flags target w = Ok w' /\ world_ok (w_held w') w' /\ shrunk errs w w'.
Proof.
  intros Hw. unfold manager_sync_all. destruct (length (w_manager w) =? 0)%nat eqn:E; [exists w, []; split_and!; [done|done|by apply shrunk_fields]|]. apply Nat.eqb_neq in E.
  pose proof (wo_many _ _ Hw) as Hmany. unfold zlen in *. pose proof (Z.mod_pos_bound (m_last_freed_index w) (Z.of_nat (length (w_manager w))) ltac:(lia)) as Hmod.
  set (last := u32 _). assert (Hlast : 1 <= last <= Z.of_nat (length (w_manager w))) by (unfold last; rewrite u32_small; lia).
  destruct (sync_lists_ok env flags target (length (w_manager w)) (Z.to_nat last) (Z.to_nat last) (set_last_freed last w)) as (w' & errs & E' & H1 & H2).
  - by apply (world_ok_fields (w_held w) w).
  - cbn. lia.
  - cbn. lia.
  - cbn. unfold visits_left. rewrite Nat.leb_refl. lia.
  - exists w', errs. split_and!; [exact E'|done|]. change errs with ([] ++ errs). eapply shrunk_trans; [|exact H2]. by apply shrunk_fields.
Qed.

Lemma try_free_memory_ok env size w : world_ok (w_held w) w ->
  exists w' errs, try_free_memory env size w = Ok w' /\ world_ok (w_held w') w' /\ shrunk errs w w'.
Proof.
  intros Hw. unfold try_free_memory. destruct (_ <? _); [exists w, []; split_and!; [done|done|by apply shrunk_fields]|].
  destruct (manager_sync_all_ok env 0 (u64 (m_memory_usage (w_memory w) - Z.min size (m_memory_usage (w_memory w)))) w Hw)
    as (w' & errs & -> & H1 & H2). cbn [mbind res_bind].
  eexists _, errs. split_and!; [reflexivity|by apply (world_ok_fields (w_held w') w')|]. rewrite <- (app_nil_r errs).
  eapply shrunk_trans; [exact H2|by apply shrunk_fields].
Qed.

(** Syncing lets memory go, and takes none. *)
Lemma total_shrink f : forall m' m, (forall id l, m !! id = Some l -> 0 <= f l) ->
  (forall id l', m' !! id = Some l' -> exists l, m !! id = Some l /\ f l' <= f l) -> total f m' <= total f m.
Proof.
  induction m' as [|id l m' Hn IH] using map_ind; intros m Hf Hle; [by apply total_nonneg|]. rewrite total_new by done.
  destruct (Hle id l (lookup_insert_eq _ _ _)) as (k & Hk & Hlk). rewrite <- (insert_delete_id m id k Hk), total_new by (by rewrite lookup_delete_eq).
  assert (total f m' <= total f (delete id m)); [|lia]. apply IH.
  - intros j x Hj. apply lookup_delete_Some in Hj as [_ Hj]. by eapply Hf.
  - intros j x Hj. assert (id <> j) by (intros ->; congruence). destruct (Hle j x) as (y & Hy & Hxy); [by rewrite lookup_insert_ne|].
    exists y. by rewrite lookup_delete_ne.
Qed.

Lemma shrunk_usage errs w w' : world_ok (w_held w) w -> world_ok (w_held w') w' -> shrunk errs w w' ->
  m_memory_usage (w_memory w') <= m_memory_usage (w_memory w) /\ m_memory_block_count (w_memory w') <= m_memory_block_count (w_memory w).
Proof.
  intros Hw Hw' [L D _ _ _ _]. pose proof (wo_memory _ _ Hw) as [B1 B2 B3 _ _ _]. pose proof (wo_memory _ _ Hw') as [_ B2' B3' _ _ _].
  rewrite B2, B3, B2', B3'.
  assert (Hs : forall id l', w_lists w' !! id = Some l' -> exists l, w_lists w !! id = Some l /\ list_shrunk errs id l l').
  { intros id l' Hl'. destruct (D id ltac:(by exists l')) as (l & Hl). destruct (L id l Hl) as (k & Hk & Hsh). exists l. by assert (k = l') as <- by congruence. }
  split; apply total_shrink.
  - intros id l Hl. pose proof (B1 id l Hl). pose proof (mapped_bounds l). nia.
  - intros id l' Hl'. destruct (Hs id l' Hl') as (l & Hl & S & _ & M & _). exists l. split; [done|]. rewrite S. pose proof (B1 id l Hl). nia.
  - intros id l _. apply mapped_bounds.
  - intros id l' Hl'. destruct (Hs id l' Hl') as (l & Hl & _ & _ & M & _). by exists l.
Qed.

(** Memory is granted within the limit as it was when it was asked for. *)
Lemma allocate_ok env size w : world_ok (w_held w) w ->
  exists b w1 errs, world_ok (w_held w1) w1 /\ shrunk errs w w1 /\
    allocate env size w = Ok (b, if b : bool then set_memory (account_memory_block size (w_memory w1)) w1 else w1) /\
    b = (u64 (m_memory_usage (w_memory w) + size) <=? m_max_memory_usage (w_memory w)).
Proof.
  intros Hw. unfold allocate.
  assert (exists w1 errs, (if u64 (3 * m_max_memory_usage (w_memory w)) / 4 <? u64 (m_memory_usage (w_memory w) + size)
    then try_free_memory env (m_max_memory_usage (w_memory w) / 4) w else Ok w) = Ok w1 /\ world_ok (w_held w1) w1 /\ shrunk errs w w1) as (w1 & errs & -> & H1 & H2).
  { destruct (_ <? _); [by apply try_free_memory_ok|]. exists w, []. split_and!; [done|done|by apply shrunk_fields]. }
  cbn [mbind res_bind]. exists (u64 (m_memory_usage (w_memory w) + size) <=? m_max_memory_usage (w_memory w)), w1, errs. split_and!; [done|done| |done].
  rewrite Z.ltb_antisym. by destruct (_ <=? _).
Qed.

(** ** Asking for a chunk *)

(** What mapping a chunk promises: the permissions that were asked for. *)
Definition creates_asked (env : environment) : Prop :=
  forall id i hashing prot p, env_create env id i hashing prot = inl p -> Z.land prot (Z.lnot p) = 0.

Lemma has_write env id i hashing p : creates_asked env -> env_create env id i hashing (Z.lor prot_read prot_write) = inl p -> has p prot_write = true.
Proof.
  intros Hc E. apply Hc in E. apply (f_equal (fun z => Z.testbit z 1)) in E. rewrite Z.land_spec, Z.lnot_spec, Z.bits_0 in E by lia.
  change (Z.testbit (Z.lor prot_read prot_write) 1) with true in E. change prot_write with (2 ^ 1). unfold has. rewrite land_pow2 by lia.
  by destruct (Z.testbit p 1).
Qed.

(** The end of [get]: the node [n] has the chunk and the counters go up. *)
Definition taken (flags : Z) (n : ChunkListNode) : ChunkListNode :=
  let wr := has flags get_writable in
  let n := set_counts (m_references n + 1) (m_writable n + b2z wr) (m_blocking n + b2z (has flags get_blocking)) n in
  if wr then set_sync_triggered false n else n.

Lemma get_finish_ok flags n (k : ChunkListNode -> res (ChunkHandle * world)) :
  0 <= m_references n < 2 ^ 31 - 1 -> m_writable n < 2 ^ 31 - 1 -> m_blocking n < 2 ^ 31 - 1 ->
  (n ← inc_references n; n ← (if has flags get_writable then n ← inc_writable n; Ok (set_sync_triggered false n) else Ok n);
   n ← (if has flags get_blocking then inc_blocking n else Ok n); k n) = k (taken flags n).
Proof.
  intros Hr Hw Hb. unfold inc_references, int_inc. rewrite (proj2 (Z.leb_gt _ _)) by lia. cbn [ub_when mbind res_bind]. unfold taken.
  destruct (has flags get_writable), (has flags get_blocking); unfold inc_writable, inc_blocking, int_inc;
    cbn [mbind res_bind set_counts m_writable m_blocking m_references set_sync_triggered b2z];
    rewrite ?(proj2 (Z.leb_gt _ (m_writable n))), ?(proj2 (Z.leb_gt _ (m_blocking n))) by lia;
    cbn [ub_when mbind res_bind set_counts m_writable m_blocking m_references set_sync_triggered];
    rewrite ?(proj2 (Z.leb_gt _ (m_blocking n))) by lia; cbn [ub_when mbind res_bind]; rewrite ?Z.add_0_r; done.
Qed.

(** There is room in the accounts for a node without a chunk. *)
Lemma account_room w id l i n : memory_ok w -> w_lists w !! id = Some l -> nodes l !! i = Some n -> is_valid n = false ->
  account_memory_block (m_chunk_size l) (w_memory w) =
    set_usage (m_memory_usage (w_memory w) + m_chunk_size l) (m_memory_block_count (w_memory w) + 1) (w_memory w).
Proof.
  intros Hm Hl Hn Hv. destruct (memory_bounds w Hm) as [Hu Hc]. destruct Hm as [Hs Eu Ec En Eb Eg]. pose proof (Hs id l Hl) as Hsz.
  pose proof (mapped_insert l i n (set_chunk (Some 0) n) Hn) as Hmap. rewrite Hv in Hmap. cbn in Hmap. set (l' := with_node i (set_chunk (Some 0) n) l) in *.
  pose proof (mapped_bounds l') as Hb. assert (Hlen : zlen (nodes l') = zlen (nodes l)) by (unfold zlen; cbn; by rewrite length_insert).
  assert (Hle : forall j k, <[id := l']> (w_lists w) !! j = Some k -> 0 < m_chunk_size k).
  { intros j k Hj. apply lookup_insert_Some in Hj as [[_ <-]|[_ Hj]]; [cbn; lia|]. apply Hs in Hj. lia. }
  pose proof (total_insert (fun l => m_chunk_size l * mapped l) (w_lists w) id l l' Hl) as T1.
  pose proof (total_insert mapped (w_lists w) id l l' Hl) as T2.
  pose proof (total_insert (fun l => m_chunk_size l * zlen (nodes l)) (w_lists w) id l l' Hl) as T3.
  pose proof (total_insert (fun l => zlen (nodes l)) (w_lists w) id l l' Hl) as T4.
  assert (T5 : total (fun l => m_chunk_size l * mapped l) (<[id := l']> (w_lists w)) <= total (fun l => m_chunk_size l * zlen (nodes l)) (<[id := l']> (w_lists w))).
  { apply total_le. intros j k Hj. pose proof (Hle j k Hj). pose proof (mapped_bounds k). nia. }
  assert (T6 : total mapped (<[id := l']> (w_lists w)) <= total (fun l => zlen (nodes l)) (<[id := l']> (w_lists w))).
  { apply total_le. intros j k Hj. apply mapped_bounds. }
  cbn beta in *. change (m_chunk_size l') with (m_chunk_size l) in *. rewrite Hlen in T3, T4. rewrite Hmap in T1, T2.
  unfold account_memory_block. rewrite u64_small, u32_small by nia. done.
Qed.

Lemma taken_ok flags hs id i q n n1 : node_ok (refs hs id i + b2z q) (writers hs id i + b2z q) (blockers hs id i) n ->
  m_references n1 = m_references n -> m_writable n1 = m_writable n -> m_blocking n1 = m_blocking n ->
  (exists p, m_chunk n1 = Some p /\ (0 < m_writable n + b2z (has flags get_writable) -> has p prot_write = true)) ->
  let hs' := Held id i (has flags get_writable) (has flags get_blocking) :: hs in
  node_ok (refs hs' id i + b2z q) (writers hs' id i + b2z q) (blockers hs' id i) (taken flags n1).
Proof.
  intros [N1 N2 N3 N4 N5] E1 E2 E3 (p & Ep & Hp) hs'. destruct (refs_cons (Held id i (has flags get_writable) (has flags get_blocking)) hs id i) as (R1 & R2 & R3).
  unfold hs'. rewrite R1, R2, R3, on_same. cbn [andb d_writable d_blocking b2z]. pose proof (refs_bound hs id i) as (B1 & _ & _).
  assert (Hchunk : m_chunk (taken flags n1) = Some p) by (unfold taken; by destruct (has flags get_writable)).
  assert (Hc : m_references (taken flags n1) = m_references n1 + 1 /\ m_writable (taken flags n1) = m_writable n1 + b2z (has flags get_writable) /\
    m_blocking (taken flags n1) = m_blocking n1 + b2z (has flags get_blocking)) by (unfold taken; by destruct (has flags get_writable)).
  destruct Hc as (C1 & C2 & C3). constructor; [lia|lia|lia| |].
  - unfold is_valid. rewrite Hchunk. rewrite bool_decide_eq_true_2 by done. symmetry. apply Z.ltb_lt. destruct q; cbn; lia.
  - intros p' Hp' Hw. assert (p' = p) as -> by congruence. apply Hp. lia.
Qed.

(** A node that is changed by [get] with a world whose accounts fit. *)
Lemma get_world_ok flags hs w w' id i l n n1 : world_ok hs w -> w_lists w !! id = Some l -> nodes l !! i = Some n -> zlen hs + 1 < 2 ^ 31 - 1 ->
  m_references n1 = m_references n -> m_writable n1 = m_writable n -> m_blocking n1 = m_blocking n ->
  (exists p, m_chunk n1 = Some p /\ (0 < m_writable n + b2z (has flags get_writable) -> has p prot_write = true)) ->
  w_lists w' = <[id := with_node i (taken flags n1) l]> (w_lists w) -> memory_ok w' -> sync_ok w' -> w_manager w' = w_manager w ->
  world_ok (Held id i (has flags get_writable) (has flags get_blocking) :: hs) w'.
Proof.
  intros Hw Hl Hn Hfew E1 E2 E3 Hp Hw' Hm Hs Hmg. set (h := Held id i _ _).
  assert (Hlt : (i < length (nodes l))%nat) by by eapply lookup_lt_Some. pose proof (wo_lists _ _ Hw id l Hl) as Hq.
  eapply (world_ok_handles hs (h :: hs) w w' id i l (m_queue l) (taken flags n1)); try done.
  - intros j k Hne. destruct (refs_cons h hs j k) as (-> & -> & ->). unfold h. rewrite on_other by done. cbn. done.
  - intros x [->|Hx]%elem_of_cons; [by right|by left].
  - unfold zlen in *. cbn [length]. lia.
  - apply (lo_nodup _ _ _ _ Hq).
  - eapply taken_ok; try done. by apply (lo_node _ _ _ _ Hq).
Qed.

(** What [get] asks of its caller: a purpose, and not to wait for a chunk that
    is blocked. *)
Definition get_allowed (flags : Z) (n : ChunkListNode) : Prop :=
  has flags get_hashing || has flags get_not_hashing = true /\
  (has flags get_writable = true -> m_blocking n <> 0 -> (forall p, m_chunk n = Some p -> has p prot_write = true) \/ has flags get_nonblock = true).

Definition get_result (flags : Z) (hs : list held) (id i : nat) (h : ChunkHandle) (w : world) : Prop :=
  match h_node h with
  | Some node => node = (id, i) /\ h_writable h = has flags get_writable /\ h_blocking h = has flags get_blocking /\
      world_ok (Held id i (has flags get_writable) (has flags get_blocking) :: hs) w /\
      exists n p, get_node id i w = Ok n /\ m_chunk n = Some p /\ (has flags get_writable = true -> has p prot_write = true)
  | None => h_errno h <> 0 /\ world_ok hs w
  end.

Lemma from_error_result flags hs id i w err : world_ok hs w -> get_result flags hs id i (from_error err) w.
Proof. intros Hw. unfold get_result, from_error. cbn. split; [|done]. destruct (err =? 0) eqn:E; bool_prop; [done|done]. Qed.

Lemma taken_result flags hs id i w w' l n n1 p : world_ok hs w -> w_lists w !! id = Some l -> nodes l !! i = Some n -> zlen hs + 1 < 2 ^ 31 - 1 ->
  m_references n1 = m_references n -> m_writable n1 = m_writable n -> m_blocking n1 = m_blocking n ->
  m_chunk n1 = Some p -> (0 < m_writable n + b2z (has flags get_writable) -> has p prot_write = true) ->
  w_lists w' = <[id := with_node i (taken flags n1) l]> (w_lists w) -> memory_ok w' -> sync_ok w' -> w_manager w' = w_manager w ->
  get_result flags hs id i (Handle (Some (id, i)) (has flags get_writable) (has flags get_blocking) 0) w'.
Proof.
  intros Hw Hl Hn Hfew E1 E2 E3 Ep Hp Hw' Hm Hs Hmg. unfold get_result. cbn [h_node h_writable h_blocking].
  pose proof (wo_lists _ _ Hw id l Hl) as Hq. pose proof (lo_node _ _ _ _ Hq i n Hn) as [_ N2 _ _ _].
  pose proof (refs_bound hs id i) as (B1 & _ & _).
  split_and!; [done|done|done|eapply get_world_ok; eauto|]. exists (taken flags n1), p. split_and!.
  - unfold get_node, get_list. rewrite Hw', lookup_insert_eq. cbn [of_deref mbind res_bind nodes with_node].
    rewrite list_lookup_insert_eq; [done|by eapply lookup_lt_Some].
  - unfold taken. by destruct (has flags get_writable).
  - intros Hwr. apply Hp. rewrite Hwr, N2. cbn. destruct (bool_decide _); cbn; lia.
Qed.

Lemma node_bounds hs w id i l n : world_ok hs w -> w_lists w !! id = Some l -> nodes l !! i = Some n -> zlen hs + 1 < 2 ^ 31 - 1 ->
  0 <= m_references n < 2 ^ 31 - 1 /\ 0 <= m_writable n < 2 ^ 31 - 1 /\ 0 <= m_blocking n < 2 ^ 31 - 1.
Proof.
  intros Hw Hl Hn Hfew. pose proof (lo_node _ _ _ _ (wo_lists _ _ Hw id l Hl) i n Hn) as [N1 N2 N3 _ _].
  pose proof (refs_bound hs id i) as (B1 & B2 & B3). rewrite N1, N2, N3. destruct (bool_decide _); cbn; lia.
Qed.

(** [get] of a node without a chunk, after the memory was granted in [w]. *)
Lemma get_new_ok hs id i flags w l n chunk : world_ok hs w -> w_lists w !! id = Some l -> m_manager l = true -> nodes l !! i = Some n ->
  m_chunk n = None -> zlen hs + 1 < 2 ^ 31 - 1 -> (has flags get_writable = true -> has chunk prot_write = true) ->
  let w1 := set_memory (account_memory_block (m_chunk_size l) (w_memory w)) w in
  let w' := set_node id i (taken flags (set_time_modified 0 (set_chunk (Some chunk) n))) w1 in
  get_result flags hs id i (Handle (Some (id, i)) (has flags get_writable) (has flags get_blocking) 0) w' /\ w_held w' = w_held w /\
  m_memory_usage (w_memory w') = m_memory_usage (w_memory w) + m_chunk_size l.
Proof.
  intros Hw Hl Hmg Hn Hnull Hfew Hc w1 w'. assert (Hv : is_valid n = false) by (unfold is_valid; rewrite Hnull; by apply bool_decide_eq_false_2; intros []).
  pose proof (account_room w id l i n (wo_memory _ _ Hw) Hl Hn Hv) as Hacc. set (n1 := set_time_modified 0 (set_chunk (Some chunk) n)) in *.
  unfold w'. rewrite (set_node_eq id i _ w1 l) by done.
  pose proof (lo_node _ _ _ _ (wo_lists _ _ Hw id l Hl) i n Hn) as [N1 N2 N3 N4 _]. rewrite Hv in N4. symmetry in N4. apply Z.ltb_ge in N4.
  pose proof (refs_bound hs id i) as (R1 & _ & _). set (w2 := set_list id (with_node i (taken flags n1) l) w1).
  assert (Hmem : w_memory w2 = set_usage (m_memory_usage (w_memory w) + m_chunk_size l) (m_memory_block_count (w_memory w) + 1) (w_memory w)) by exact Hacc.
  assert (Hwn : m_writable n = 0) by (rewrite N2; destruct (bool_decide _); cbn in *; lia).
  split_and!; [|done|by rewrite Hmem]. eapply (taken_result flags hs id i w w2 l n n1 chunk); try done.
  - rewrite Hwn. intros Hwr. destruct (has flags get_writable); [by apply Hc|cbn in Hwr; lia].
  - pose proof (mapped_insert l i n (taken flags n1) Hn) as Hmap. rewrite Hv in Hmap.
    assert (Hvt : is_valid (taken flags n1) = true) by (unfold taken; by destruct (has flags get_writable)). rewrite Hvt in Hmap. cbn in Hmap.
    eapply (memory_list w id l (with_node i (taken flags n1) l));
      [apply (wo_memory _ _ Hw)|done|done|cbn; by rewrite length_insert|done|by right|reflexivity|reflexivity|done| |]; rewrite Hmem, Hmap; cbn; lia.
  - apply (sync_ok_list w w2 id l (with_node i (taken flags n1) l)); [apply (wo_sync _ _ Hw)|done|done|done| |]; rewrite Hmem; unfold queued; cbn; lia.
Qed.

(** Memory that was accounted for is given back. *)
Lemma give_back_ok size w : 0 <= size -> 0 <= m_memory_usage (w_memory w) -> 0 <= m_memory_block_count (w_memory w) ->
  m_memory_usage (w_memory w) + size < 2 ^ 64 -> m_memory_block_count (w_memory w) + 1 < 2 ^ 32 ->
  deallocate size (set_memory (account_memory_block size (w_memory w)) w) = Ok w.
Proof.
  intros H0 H1 H2 H3 H4. unfold deallocate, account_memory_block, release_memory_block.
  cbn [set_memory w_memory set_usage m_memory_usage m_memory_block_count]. rewrite (u64_small (_ + size)), (u32_small (_ + 1)) by lia.
  rewrite (proj2 (Z.eqb_neq _ 0)), (proj2 (Z.ltb_ge _ _)) by lia. cbn [throw_when mbind res_bind].
  replace (m_memory_usage (w_memory w) + size - size) with (m_memory_usage (w_memory w)) by lia.
  replace (m_memory_block_count (w_memory w) + 1 - 1) with (m_memory_block_count (w_memory w)) by lia.
  rewrite u64_small, u32_small by lia. by destruct w as [? ? ? ? [] ? ?].
Qed.

(** The one way in which [get] goes wrong: the chunk is not mapped, memory is
    freed to make room for it, a chunk of the same list cannot be written, and
    the storage error closes the list; the node that [get] then gives the chunk
    to is gone. *)
Definition closed_under (env : environment) (id i : nat) (flags : Z) (w : world) : Prop :=
  exists l n w1 errs chunk, w_lists w !! id = Some l /\ nodes l !! i = Some n /\ m_chunk n = None /\
    allocate env (m_chunk_size l) w = Ok (true, w1) /\ w_errors w1 = w_errors w ++ errs /\ id ∈ errs /\
    env_create env id i (has flags get_hashing) (Z.lor prot_read (if has flags get_writable then prot_write else 0)) = inl chunk.

Definition get_outcome (env : environment) (id i : nat) (flags : Z) (w : world) : Prop :=
  (exists h w', get env id i flags w = Ok (h, w') /\ get_result flags (w_held w') id i h w' /\ zlen (w_held w') <= zlen (w_held w) /\
    m_memory_usage (w_memory w') <= Z.max (m_memory_usage (w_memory w)) (m_max_memory_usage (w_memory w))) \/
  (get env id i flags w = UB /\ closed_under env id i flags w).

(** [get] of a chunk that is not mapped. *)
Lemma get_unmapped env id i flags w l n : world_ok (w_held w) w -> creates_asked env -> zlen (w_held w) + 1 < 2 ^ 31 - 1 ->
  w_lists w !! id = Some l -> m_manager l = true -> nodes l !! i = Some n -> m_chunk n = None -> get_allowed flags n -> get_outcome env id i flags w.
Proof.
  intros Hw Hc Hfew Hl Hmg Hn Ep [Hpurpose _]. unfold get_outcome, get, get_list. rewrite Hl. cbn [of_deref mbind res_bind].
  rewrite Hn, Ep, Hmg. cbn [negb ub_when mbind res_bind].
  destruct (allocate_ok env (m_chunk_size l) w Hw) as (b & w1 & errs & Hw1 & Hsh & Ea & Hb). rewrite Ea. cbn [mbind res_bind].
  destruct (shrunk_usage errs w w1 Hw Hw1 Hsh) as [Hu Hcnt]. pose proof (sh_held _ _ _ Hsh) as Hheld.
  destruct b; cbn [negb]; [|left; eexists _, _; split_and!; [reflexivity|by apply from_error_result|done|lia]].
  assert (negb (has flags get_hashing) && negb (has flags get_not_hashing) = false) as ->
    by (destruct (has flags get_hashing), (has flags get_not_hashing); done). cbn [throw_when mbind res_bind].
  destruct (sh_list _ _ _ Hsh id l Hl) as (l1 & Hl1 & S1 & M1 & _ & Hcase). symmetry in Hb. apply Z.leb_le in Hb.
  assert (Hv : is_valid n = false) by (unfold is_valid; by rewrite Ep).
  pose proof (account_room w id l i n (wo_memory _ _ Hw) Hl Hn Hv) as Hacc.
  pose proof (f_equal m_memory_usage Hacc) as Hacc1. pose proof (f_equal m_memory_block_count Hacc) as Hacc2. cbn in Hacc1, Hacc2.
  pose proof (u64_range (m_memory_usage (w_memory w) + m_chunk_size l)) as Hr1. pose proof (u32_range (m_memory_block_count (w_memory w) + 1)) as Hr2.
  destruct (memory_bounds w1 (wo_memory _ _ Hw1)) as [Hb1 Hb2]. pose proof (mo_size _ (wo_memory _ _ Hw) id l Hl) as Hsz.
  destruct (env_create env id i _ _) as [chunk|err] eqn:Ec.
  - destruct Hcase as [[Hnil He]|[L1 K1]].
    + right. unfold get_node, get_list. cbn [set_memory w_lists]. rewrite Hl1. cbn [of_deref mbind res_bind]. rewrite Hnil. split; [done|].
      eexists l, n, _, errs, chunk. split_and!; [done|done|done|exact Ea|apply (sh_errors _ _ _ Hsh)|done|done].
    + left. destruct (K1 i n Hn Ep) as (n1 & Hn1 & Hnull). destruct (node_bounds (w_held w1) w1 id i l1 n1 Hw1 Hl1 Hn1 ltac:(lia)) as (B1 & B2 & B3).
      rewrite (get_node_eq id i _ l1 n1) by done. cbn [mbind res_bind].
      rewrite (get_finish_ok flags (set_time_modified 0 (set_chunk (Some chunk) n1)) _ B1) by (cbn; lia).
      destruct (get_new_ok (w_held w1) id i flags w1 l1 n1 chunk Hw1 Hl1 ltac:(congruence) Hn1 Hnull ltac:(lia)) as (Hres & Hh & Huse).
      { intros Hwr. rewrite Hwr in Ec. by eapply has_write. }
      rewrite S1 in *. eexists _, _. split; [reflexivity|]. rewrite Hh. split_and!; [exact Hres|done|lia].
  - left. rewrite give_back_ok by lia. cbn [mbind res_bind]. eexists _, _. split_and!; [reflexivity|by apply from_error_result|done|lia].
Qed.

(** [get] of a chunk that is mapped. *)
Lemma get_mapped env id i flags w l n p : world_ok (w_held w) w -> creates_asked env -> zlen (w_held w) + 1 < 2 ^ 31 - 1 ->
  w_lists w !! id = Some l -> nodes l !! i = Some n -> m_chunk n = Some p -> get_allowed flags n -> get_outcome env id i flags w.
Proof.
  intros Hw Hc Hfew Hl Hn Ep [Hpurpose Hblock]. left. unfold get, get_list. rewrite Hl. cbn [of_deref mbind res_bind]. rewrite Hn, Ep.
  pose proof (lo_node _ _ _ _ (wo_lists _ _ Hw id l Hl) i n Hn) as [N1 N2 N3 N4 N5]. pose proof (refs_bound (w_held w) id i) as (R1 & R2 & _).
  destruct (node_bounds (w_held w) w id i l n Hw Hl Hn Hfew) as (B1 & B2 & B3).
  destruct (has flags get_writable && negb (has p prot_write)) eqn:Ew.
  - apply andb_true_iff in Ew as [Ew1 Ew2]. apply negb_true_iff in Ew2.
    destruct (m_blocking n =? 0) eqn:Eb; cbn [negb]; bool_prop.
    + destruct (env_create env id i false _) as [chunk|err] eqn:Ec; [|eexists _, _; split_and!; [reflexivity|by apply from_error_result|done|lia]].
      set (n1 := set_time_modified 0 (set_chunk (Some chunk) n)). rewrite (get_finish_ok flags n1 _ B1) by (cbn; lia).
      eexists _, _. split; [reflexivity|]. rewrite (set_node_eq id i _ w l) by done. split_and!; [|done|cbn; lia].
      assert (Hvt : is_valid (taken flags n1) = is_valid n) by (unfold taken, is_valid; rewrite Ep; by destruct (has flags get_writable)).
      eapply (taken_result flags (w_held w) id i w _ l n n1 chunk); try done.
      * intros _. rewrite Ew1 in Ec. by eapply has_write.
      * eapply memory_node; [apply (wo_memory _ _ Hw)|done|done|done].
      * apply (sync_ok_list w _ id l (with_node i (taken flags n1) l)); [apply (wo_sync _ _ Hw)|done|done|done| |]; unfold queued; cbn; lia.
    + destruct (Hblock Ew1 Eb) as [Hp| ->]; [by rewrite (Hp p Ep) in Ew2|].
      eexists _, _. split_and!; [reflexivity|by apply from_error_result|done|lia].
  - rewrite (get_finish_ok flags n _ B1) by lia. eexists _, _. split; [reflexivity|]. rewrite (set_node_eq id i _ w l) by done.
    split_and!; [|done|cbn; lia].
    assert (Hvt : is_valid (taken flags n) = is_valid n) by (unfold taken, is_valid; by destruct (has flags get_writable)).
    eapply (taken_result flags (w_held w) id i w _ l n n p); try done.
    + intros Hwr. destruct (has flags get_writable); [cbn in Ew; by destruct (has p prot_write)|]. apply (N5 p Ep). cbn in Hwr. lia.
    + eapply memory_node; [apply (wo_memory _ _ Hw)|done|done|done].
    + apply (sync_ok_list w _ id l (with_node i (taken flags n) l)); [apply (wo_sync _ _ Hw)|done|done|done| |]; unfold queued; cbn; lia.
Qed.

Lemma get_ok env id i flags w l n : world_ok (w_held w) w -> creates_asked env -> zlen (w_held w) + 1 < 2 ^ 31 - 1 ->
  w_lists w !! id = Some l -> m_manager l = true -> nodes l !! i = Some n -> get_allowed flags n -> get_outcome env id i flags w.
Proof.
  intros Hw Hc Hfew Hl Hmg Hn Ha. destruct (m_chunk n) as [p|] eqn:Ep; [by eapply get_mapped|by eapply get_unmapped].
Qed.

(** ** Sizes and the list of the manager *)

(** The totals that have room in the accounts. *)
Definition fits (m : gmap nat chunk_list) : Prop :=
  total (fun l => zlen (nodes l)) m < 2 ^ 32 /\ total (fun l => m_chunk_size l * zlen (nodes l)) m < 2 ^ 64.

Lemma new_nodes_ok hs id l : list_ok hs id (m_queue l) l -> nodes l = [] -> unheld hs id -> forall n,
  m_queue l = [] /\ list_ok hs id [] (List (replicate n new_node) [] (m_chunk_size l) (m_manager l)).
Proof.
  intros [Hd Hq _] E Hu n. assert (Hq0 : m_queue l = []).
  { destruct (m_queue l) as [|i q]; [done|]. specialize (Hq i ltac:(left)). rewrite E in Hq. cbn in Hq. lia. }
  split; [done|]. constructor; [constructor|by intros i ?%elem_of_nil|]. cbn [nodes]. intros i m Hi. apply lookup_replicate in Hi as [-> _].
  rewrite (Hu i), (b2z_not_elem i []) by (by intros ?%elem_of_nil). pose proof (refs_bound hs id i) as (R1 & R2 & _). rewrite (Hu i) in R1, R2.
  constructor; cbn; try lia; done.
Qed.

Lemma unheld_empty hs w id l : world_ok hs w -> w_lists w !! id = Some l -> nodes l = [] -> unheld hs id.
Proof.
  intros Hw Hl E i. unfold refs. assert (Hz : count (on id i) hs = 0%nat); [|by rewrite Hz]. apply count_zero, Forall_forall. intros h Hh.
  destruct (wo_handles _ _ Hw h Hh) as (k & Hk & Hlt). unfold on. destruct (d_list h =? id)%nat eqn:Eid; [|done]. apply Nat.eqb_eq in Eid.
  rewrite Eid in Hk. assert (k = l) as -> by congruence. rewrite E in Hlt. cbn in Hlt. lia.
Qed.

Lemma resize_ok hs w id l n : world_ok hs w -> w_lists w !! id = Some l -> nodes l = [] ->
  fits (<[id := List (replicate n new_node) [] (m_chunk_size l) (m_manager l)]> (w_lists w)) ->
  resize id n w = Ok (set_list id (List (replicate n new_node) [] (m_chunk_size l) (m_manager l)) w) /\
  world_ok hs (set_list id (List (replicate n new_node) [] (m_chunk_size l) (m_manager l)) w).
Proof.
  intros Hw Hl E [Hf1 Hf2]. pose proof (unheld_empty hs w id l Hw Hl E) as Hu.
  destruct (new_nodes_ok hs id l (wo_lists _ _ Hw id l Hl) E Hu n) as [Hq Hok]. set (l' := List _ _ _ _) in *.
  split; [unfold resize; rewrite (get_list_eq id w l Hl); cbn [mbind res_bind]; rewrite E; cbn; by rewrite Hq|].
  assert (Hmap : mapped l' = 0) by (apply mapped_none; intros x (i & Hi)%list_elem_of_lookup; by apply lookup_replicate in Hi as [-> _]).
  assert (Hmap0 : mapped l = 0) by (unfold mapped; by rewrite E). destruct (wo_memory _ _ Hw) as [M1 M2 M3 _ _ M6]. destruct (wo_sync _ _ Hw) as [S1 S2].
  constructor.
  - cbn. intros j k Hj. apply lookup_insert_Some in Hj as [[<- <-]|[_ Hj]]; [done|by apply (wo_lists _ _ Hw)].
  - constructor; cbn [set_list set_lists w_lists w_memory]; [|rewrite (total_insert _ _ id l l' Hl), M2, Hmap, Hmap0; cbn; lia|
      rewrite (total_insert _ _ id l l' Hl), M3, Hmap, Hmap0; lia|done|done|];
      intros j k Hj; apply lookup_insert_Some in Hj as [[<- <-]|[_ Hj]]; [exact (M1 id l Hl)|by eapply M1|by rewrite Hmap|by eapply M6].
  - constructor; cbn [set_list set_lists w_lists w_memory]; rewrite (total_insert _ _ id l l' Hl); unfold queued in *; rewrite Hq; cbn; lia.
  - intros h Hh. destruct (wo_handles _ _ Hw h Hh) as (k & Hk & Hlt). exists k. cbn. rewrite lookup_insert_ne; [done|].
    intros Eid. by apply (unheld_all hs id Hu h Hh).
  - apply (wo_few _ _ Hw).
  - cbn. intros j Hj. rewrite lookup_insert_is_Some'. right. by apply (wo_manager _ _ Hw).
  - apply (wo_many _ _ Hw).
  - apply (wo_unique _ _ Hw).
  - cbn. intros j k Hj. apply lookup_insert_Some in Hj as [[<- <-]|[_ Hj]]; [by apply (wo_managed _ _ Hw id l)|by apply (wo_managed _ _ Hw)].
Qed.

(** A list is put into the manager, or taken out of it when nothing of it is mapped. *)
Lemma world_ok_manager hs w id l m b : world_ok hs w -> w_lists w !! id = Some l -> NoDup m -> zlen m < 2 ^ 32 - 1 ->
  (forall j, j ∈ m <-> if decide (j = id) then b = true else j ∈ w_manager w) -> (b = false -> mapped l = 0) ->
  world_ok hs (set_manager m (set_list id (List (nodes l) (m_queue l) (m_chunk_size l) b) w)).
Proof.
  intros [A1 [B1 B2 B3 B4 B5 B6] [C1 C2] A4 A5 A6 A7 A8 A9] Hl Hd Hlen Hm Hb. set (l' := List _ _ _ b).
  assert (Hlk : forall j k, <[id := l']> (w_lists w) !! j = Some k -> (j = id /\ k = l') \/ (j <> id /\ w_lists w !! j = Some k)).
  { intros j k Hj. apply lookup_insert_Some in Hj as [[<- <-]|[? Hj]]; [by left|by right]. }
  constructor; cbn [set_manager set_list set_lists w_lists w_memory w_manager]; try done.
  - intros j k Hj. destruct (Hlk j k Hj) as [[-> ->]|[_ Hj']]; [|by apply A1]. destruct (A1 id l Hl) as [D1 D2 D3]. by constructor.
  - constructor; cbn [set_manager set_list set_lists w_lists w_memory]; rewrite ?(total_insert _ _ id l l' Hl); cbn [l' m_chunk_size nodes];
      try (change (mapped l') with (mapped l)); try lia.
    + intros j k Hj. destruct (Hlk j k Hj) as [[-> ->]|[_ Hj']]; [by apply (B1 id l)|by eapply B1].
    + intros j k Hj Hk. destruct (Hlk j k Hj) as [[-> ->]|[_ Hj']]; [|by eapply B6]. change (mapped l') with (mapped l) in Hk.
      destruct b; [done|]. rewrite Hb in Hk by done. lia.
  - constructor; cbn [set_manager set_list set_lists w_lists w_memory]; rewrite (total_insert _ _ id l l' Hl); change (queued l') with (queued l);
      cbn [l' m_chunk_size]; lia.
  - intros h Hh. destruct (A4 h Hh) as (k & Hk & Hlt). destruct (decide (d_list h = id)) as [E|Hne].
    + exists l'. rewrite E, lookup_insert_eq. split; [done|]. rewrite E in Hk. by assert (k = l) as <- by congruence.
    + exists k. by rewrite lookup_insert_ne.
  - intros j Hj. rewrite lookup_insert_is_Some'. destruct (decide (id = j)) as [|Hne]; [by left|right]. apply A6. apply Hm in Hj. by rewrite decide_False in Hj.
  - intros j k Hj. rewrite Hm. destruct (Hlk j k Hj) as [[-> ->]|[Hne Hj']]; [by rewrite decide_True|]. rewrite decide_False by done. by apply A9.
Qed.

Lemma manager_insert_ok hs w id l : world_ok hs w -> w_lists w !! id = Some l -> m_manager l = false -> zlen (w_manager w) + 1 < 2 ^ 32 - 1 ->
  exists w', manager_insert id w = Ok w' /\ world_ok hs w' /\ w_held w' = w_held w.
Proof.
  intros Hw Hl Hno Hm. unfold manager_insert, know_manager. rewrite (get_list_eq id w l Hl). cbn [mbind res_bind].
  assert (Hni : id ∉ w_manager w) by (intros Hin; apply (wo_managed _ _ Hw id l Hl) in Hin; congruence).
  eexists. split_and!; [reflexivity|cbn [w_manager set_list set_lists]|done]. apply (world_ok_manager hs w id l); [done|done| | | |done].
  - apply NoDup_app. split_and!; [apply (wo_unique _ _ Hw)| |apply NoDup_singleton]. intros x Hx ->%list_elem_of_singleton. done.
  - unfold zlen in *. rewrite length_app. cbn. lia.
  - intros j. rewrite elem_of_app, list_elem_of_singleton. case_decide; naive_solver.
Qed.

Lemma unheld_mapped hs id l : list_ok hs id (m_queue l) l -> m_queue l = [] -> unheld hs id -> mapped l = 0.
Proof. intros Hok Hq Hu. rewrite Hq in Hok. apply mapped_none. intros n Hn. by apply (no_valid_nodes hs id l Hu Hok). Qed.

Lemma manager_erase_ok hs w id l : world_ok hs w -> w_lists w !! id = Some l -> m_queue l = [] -> unheld hs id -> id ∈ w_manager w ->
  exists w', manager_erase id w = Ok w' /\ world_ok hs w' /\ w_held w' = w_held w.
Proof.
  intros Hw Hl Hq Hu Hin. unfold manager_erase. rewrite (get_list_eq id w l Hl). cbn [mbind res_bind]. rewrite Hq. cbn [length Nat.eqb negb throw_when mbind res_bind].
  destruct (list_find (fun i => i = id) (w_manager w)) as [[itr x]|] eqn:Ef.
  2: { apply list_find_None in Ef. rewrite Forall_forall in Ef. by apply Ef in Hin. }
  apply list_find_Some in Ef as (Hx & -> & _). pose proof (lookup_lt_Some _ _ _ Hx) as Hlt.
  set (last := (length (w_manager w) - 1)%nat). set (m := take last (swap itr last (w_manager w))).
  assert (Hp : id :: m ≡ₚ w_manager w).
  { destruct (lookup_lt_is_Some_2 (w_manager w) last) as (y & Hy); [unfold last; lia|].
    rewrite <- (swap_perm itr last (w_manager w)). rewrite <- (take_drop last (swap itr last (w_manager w))). fold m.
    assert (drop last (swap itr last (w_manager w)) = [id]) as ->; [|by rewrite Permutation_app_comm].
    assert (Hs : swap itr last (w_manager w) !! last = Some id)
      by (unfold swap; rewrite Hx, Hy; apply list_lookup_insert_eq; rewrite length_insert; unfold last; lia).
    apply drop_S in Hs. rewrite Hs. f_equal. apply drop_ge. rewrite length_swap. unfold last. lia. }
  unfold know_manager. rewrite (get_list_eq id (set_manager m w) l Hl). cbn [mbind res_bind].
  pose proof (wo_unique _ _ Hw) as Hd. rewrite <- Hp in Hd. apply NoDup_cons in Hd as [Hni Hd].
  eexists. split_and!; [reflexivity| |done].
  change (world_ok hs (set_manager m (set_list id (List (nodes l) (m_queue l) (m_chunk_size l) false) w))).
  apply (world_ok_manager hs w id l); [done|done|done| | |].
  - pose proof (wo_many _ _ Hw). unfold zlen in *. rewrite <- Hp in *. cbn [length] in *. lia.
  - assert (Hj : forall j, j ∈ w_manager w <-> j = id \/ j ∈ m) by (intros j; rewrite <- Hp; apply elem_of_cons).
    intros j. specialize (Hj j). clearbody m. case_decide; naive_solver.
  - intros _. eapply unheld_mapped; [by apply (wo_lists _ _ Hw)|done|done].
Qed.

(** ** The calls on chunk lists, with the handles that are held *)

Inductive list_call :=
  | CNew (id : nat) (chunk_size : Z)
  | CInsert (id : nat)
  | CErase (id : nat)
  | CResize (id n : nat)
  | CGet (id i : nat) (flags : Z)
  | CModified (id i : nat)
  | CRelease (h : held)
  | CSync (id : nat) (flags : Z)
  | CPeriodicSync
  | CClear (id : nat).

(** The callers keep the handles they get until they release them. *)
Definition perform (env : environment) (c : list_call) (w : world) : res world :=
  match c with
  | CNew id size => Ok (set_list id (List [] [] size false) w)
  | CInsert id => manager_insert id w
  | CErase id => manager_erase id w
  | CResize id n => resize id n w
  | CGet id i flags =>
    '(h, w) ← get env id i flags w;
    Ok (match h_node h with Some (id, i) => set_held (Held id i (h_writable h) (h_blocking h) :: w_held w) w | None => w end)
  | CModified id i => n ← get_node id i w; Ok (set_node id i (set_time_modified (env_now env) n) w)
  | CRelease h =>
    w ← release (d_list h) (handle_of h) w;
    Ok (match list_find (fun x => x = h) (w_held w) with Some (k, _) => set_held (delete k (w_held w)) w | None => w end)
  | CSync id flags => '(_, w) ← sync_chunks env id flags w; Ok w
  | CPeriodicSync => periodic_sync env w
  | CClear id => clear id w
  end.

(** What a caller has to respect: a list is put into the manager once, before
    its chunks are asked for, and taken out when no handle on it is left and
    its queue is empty; only handles that are held are released; a list is
    cleared when no handle on it is left; and the chunks of all lists fit the
    counters of the memory manager. *)
Definition allowed (c : list_call) (w : world) : Prop :=
  match c with
  | CNew id size => w_lists w !! id = None /\ 0 < size < 2 ^ 32
  | CInsert id => (exists l, w_lists w !! id = Some l /\ m_manager l = false) /\ zlen (w_manager w) + 1 < 2 ^ 32 - 1
  | CErase id => (exists l, w_lists w !! id = Some l /\ m_queue l = []) /\ unheld (w_held w) id /\ id ∈ w_manager w
  | CResize id n => exists l, w_lists w !! id = Some l /\ nodes l = [] /\
      fits (<[id := List (replicate n new_node) [] (m_chunk_size l) (m_manager l)]> (w_lists w))
  | CGet id i flags => (exists l n, w_lists w !! id = Some l /\ m_manager l = true /\ nodes l !! i = Some n /\ get_allowed flags n) /\
      zlen (w_held w) + 1 < 2 ^ 31 - 1
  | CModified id i => exists h, h ∈ w_held w /\ d_list h = id /\ d_node h = i
  | CRelease h => h ∈ w_held w
  | CSync id _ => is_Some (w_lists w !! id)
  | CPeriodicSync => True
  | CClear id => is_Some (w_lists w !! id) /\ unheld (w_held w) id
  end.

Lemma new_list_ok hs w id size : world_ok hs w -> w_lists w !! id = None -> 0 < size < 2 ^ 32 -> world_ok hs (set_list id (List [] [] size false) w).
Proof.
  intros [A1 [B1 B2 B3 B4 B5 B6] [C1 C2] A4 A5 A6 A7 A8 A9] Hn Hs. constructor.
  - cbn. intros j k Hj. apply lookup_insert_Some in Hj as [[<- <-]|[_ Hj]]; [|by apply A1]. constructor; [constructor|by intros i ?%elem_of_nil|done].
  - assert (E1 : mapped (List [] [] size false) = 0) by done. assert (E2 : zlen (nodes (List [] [] size false)) = 0) by done.
    constructor; cbn [set_list set_lists w_lists w_memory]; rewrite ?total_new by done; rewrite ?E1, ?E2; try lia.
    + intros j k Hj. apply lookup_insert_Some in Hj as [[<- <-]|[_ Hj]]; [done|by eapply B1].
    + intros j k Hj. apply lookup_insert_Some in Hj as [[<- <-]|[_ Hj]]; [by rewrite E1|by eapply B6].
  - constructor; cbn [set_list set_lists w_lists w_memory]; rewrite total_new by done;
      assert (E : queued (List [] [] size false) = 0) by done; rewrite E; lia.
  - intros h Hh. destruct (A4 h Hh) as (k & Hk & Hlt). exists k. cbn. rewrite lookup_insert_ne; [done|]. congruence.
  - done.
  - cbn. intros j Hj. rewrite lookup_insert_is_Some'. right. by apply A6.
  - done.
  - done.
  - cbn. intros j k Hj. apply lookup_insert_Some in Hj as [[<- <-]|[_ Hj]]; [|by apply A9]. split; [|done]. intros Hin.
    destruct (A6 id Hin) as (k & Hk). congruence.
Qed.

Lemma modified_ok hs w id i t h : world_ok hs w -> h ∈ hs -> d_list h = id -> d_node h = i ->
  exists n, get_node id i w = Ok n /\ world_ok hs (set_node id i (set_time_modified t n) w).
Proof.
  intros Hw Hh <- <-. destruct (wo_handles _ _ Hw h Hh) as (l & Hl & Hlt). destruct (lookup_lt_is_Some_2 _ _ Hlt) as (n & Hn).
  exists n. split; [by eapply get_node_eq|]. rewrite (set_node_eq _ _ _ w l Hl). pose proof (wo_lists _ _ Hw _ l Hl) as Hq.
  eapply (world_ok_list hs w _ (d_list h) l); [done|done|done|cbn; by rewrite length_insert|done| |by eapply memory_node; [apply (wo_memory _ _ Hw)|..]| |done].
  - apply (list_ok_node hs _ (m_queue l)); [done|done|apply (lo_nodup _ _ _ _ Hq)|done|]. destruct (lo_node _ _ _ _ Hq _ n Hn) as [N1 N2 N3 N4 N5].
    by constructor.
  - eapply (sync_ok_list w _ _ l); [apply (wo_sync _ _ Hw)|done| |done| |]; [done|unfold queued; cbn; lia..].
Qed.

Lemma remove_held (h : held) w : h ∈ w_held w -> exists hs',
  match list_find (fun x => x = h) (w_held w) with Some (k, _) => set_held (delete k (w_held w)) w | None => w end = set_held hs' w /\ w_held w ≡ₚ h :: hs'.
Proof.
  intros Hh. destruct (list_find _ (w_held w)) as [[k x]|] eqn:E.
  - apply list_find_Some in E as (Hk & -> & _). exists (delete k (w_held w)). split; [done|by apply delete_Permutation].
  - apply list_find_None in E. rewrite Forall_forall in E. by apply E in Hh.
Qed.

(** Everybody's handles are counted. *)
Definition state_ok (w : world) : Prop := world_ok (w_held w) w.

Lemma state_ok_held hs w : world_ok hs w -> state_ok (set_held hs w).
Proof. intros Hw. by apply (world_ok_fields hs w). Qed.

Definition breaks (env : environment) (c : list_call) (w : world) : Prop :=
  match c with CGet id i flags => closed_under env id i flags w | _ => False end.

(** Every allowed call returns, or it is a [get] whose list is closed under it. *)
Lemma list_perform_ok env c w : creates_asked env -> state_ok w -> allowed c w ->
  (exists w', perform env c w = Ok w' /\ state_ok w') \/ (perform env c w = UB /\ breaks env c w).
Proof.
  intros Hc Hw Ha.
  assert (Hkeep : forall w', w_held w' = w_held w -> world_ok (w_held w) w' -> state_ok w') by (intros w' E Hok; unfold state_ok; by rewrite E).
  destruct c; cbn [perform allowed breaks] in *; try match goal with |- _ \/ (_ /\ False) => left end.
  - destruct Ha. eexists. split; [reflexivity|by apply Hkeep, new_list_ok].
  - destruct Ha as [(l & Hl & Hno) Hm]. destruct (manager_insert_ok _ w id l Hw Hl Hno Hm) as (w' & -> & Hok & E). eexists. split; [reflexivity|by apply Hkeep].
  - destruct Ha as ((l & Hl & Hq) & Hu & Hin). destruct (manager_erase_ok _ w id l Hw Hl Hq Hu Hin) as (w' & -> & Hok & E).
    eexists. split; [reflexivity|by apply Hkeep].
  - destruct Ha as (l & Hl & En & Hf). destruct (resize_ok _ w id l n Hw Hl En Hf) as [-> Hok]. eexists. split; [reflexivity|by apply Hkeep].
  - destruct Ha as [(l & n & Hl & Hmg & Hn & Hg) Hfew]. destruct (get_ok env id i flags w l n Hw Hc Hfew Hl Hmg Hn Hg) as [(h & w' & -> & Hr & _)|[-> Hb]].
    + left. eexists. split; [reflexivity|]. unfold get_result in Hr. destruct (h_node h) as [[id' i']|]; [|by destruct Hr].
      destruct Hr as (E & -> & -> & Hok & _). injection E as -> ->. by apply state_ok_held.
    + by right.
  - destruct Ha as (h & Hh & E1 & E2). destruct (modified_ok _ w id i (env_now env) h Hw Hh E1 E2) as (n & -> & Hok).
    eexists. split; [reflexivity|]. apply Hkeep; [apply (fr_held id), framed_node|done].
  - destruct (remove_held h w Ha) as (hs' & E & Hp). destruct h as [id i wr blk]. unfold handle_of. cbn [d_list d_node d_writable d_blocking].
    destruct (release_ok _ hs' id i wr blk 0 w Hw Hp) as (w' & Er & Hok). rewrite Er. cbn [mbind res_bind].
    pose proof (fr_held _ _ _ (framed_release _ _ _ _ Er)) as Eh. destruct (remove_held (Held id i wr blk) w') as (hs2 & -> & Hp2); [by rewrite Eh|].
    eexists. split; [reflexivity|]. apply state_ok_held. rewrite Eh, Hp in Hp2. apply Permutation_cons_inv in Hp2. by eapply world_ok_perm.
  - destruct Ha as (l & Hl). destruct (sync_chunks_ok env id flags w l Hw Hl) as (f & w' & errs & -> & Hok & _). by eexists.
  - unfold periodic_sync. destruct (manager_sync_all_ok env sync_use_timeout 0 w Hw) as (w' & errs & -> & Hok & _). by eexists.
  - destruct Ha as [(l & Hl) Hu]. destruct (list_clear_ok _ id w l Hw Hl Hu) as (w' & -> & Hok & _ & _ & _ & E & _). eexists. split; [reflexivity|by apply Hkeep].
Qed.

(** A sequence of calls, each made with the answers of its own environment. *)
Fixpoint run (cs : list (environment * list_call)) (w : world) : res world :=
  match cs with [] => Ok w | (env, c) :: cs => w ← perform env c w; run cs w end.

(** Each call is allowed in the state that the calls before it leave. *)
Fixpoint all_allowed (cs : list (environment * list_call)) (w : world) : Prop :=
  match cs with
  | [] => True
  | (env, c) :: cs => creates_asked env /\ allowed c w /\ forall w', perform env c w = Ok w' -> all_allowed cs w'
  end.

(** The calls of [cs] return up to one that breaks. *)
Fixpoint broken (cs : list (environment * list_call)) (w : world) : Prop :=
  match cs with
  | [] => False
  | (env, c) :: cs => breaks env c w /\ perform env c w = UB \/ exists w', perform env c w = Ok w' /\ broken cs w'
  end.

Lemma run_ok cs : forall w, state_ok w -> all_allowed cs w -> (exists w', run cs w = Ok w' /\ state_ok w') \/ (run cs w = UB /\ broken cs w).
Proof.
  induction cs as [|[env c] cs IH]; intros w Hw Ha; [left; by exists w|]. destruct Ha as (Hc & Hok & Hrest). cbn [run broken].
  destruct (list_perform_ok env c w Hc Hw Hok) as [(w1 & E & Hw1)|[E Hb]]; rewrite E; cbn [mbind res_bind].
  - destruct (IH w1 Hw1 (Hrest w1 E)) as [(w' & E' & Hw')|[E' Hb]]; [left; by exists w'|right]. split; [done|right]. by exists w1.
  - right. split; [done|by left].
Qed.

Definition new_world (m : memory) : world := World ∅ [] 0 0 m [] [].

Lemma new_world_ok rlim size : state_ok (new_world (new_memory rlim size)).
Proof. constructor; [done|by constructor|by constructor|by intros h ?%elem_of_nil|done|by intros id ?%elem_of_nil|done|constructor|done]. Qed.

(** ** Theorems *)

(** C2: From the start of the program, let calls on the chunk lists and on their
    manager follow each other, each made as it may be (a list is put into the
    manager once and before its chunks are asked for, taken out when nothing of
    it is in use, and cleared when no handle on it is left; handles are
    released by who holds them; a blocked chunk is not asked for writing
    without nonblock), whatever mapping, syncing and the disks answer.  A chunk
    that cannot be written closes its download there and then: its handles are
    let go of and its list is cleared, also in the middle of a sync of all
    lists or of a get that makes room.  Then no call throws.  Either all of
    them return, and in the end each node counts the handles on it and its
    place in the queue, has a chunk exactly when somebody needs it, one that
    can be written to when somebody may write, and the memory manager has
    accounted for every chunk that is mapped and every chunk that waits to be
    written; or the calls return up to a get whose own list was closed while it
    made room, and which is undefined. *)
Theorem chunk_lists_never_throw rlim size cs : all_allowed cs (new_world (new_memory rlim size)) ->
  (exists w, run cs (new_world (new_memory rlim size)) = Ok w /\ state_ok w) \/
  (run cs (new_world (new_memory rlim size)) = UB /\ broken cs (new_world (new_memory rlim size))).
Proof. apply run_ok, new_world_ok. Qed.

(** The chunks of the queue that a forced sync of everything leaves. *)
Lemma force_sync_ok env hs id flags w l : world_ok hs w -> w_lists w !! id = Some l ->
  let flags' := choose_flags env id flags (w_memory w) in
  has flags' sync_all = true -> has flags' sync_force = true ->
  let mode := if has flags' sync_safe then sync_sync else sync_async in
  exists failed w' l', sync_queue env id flags w = Ok (failed, w') /\ world_ok hs w' /\ w_lists w' = <[id := l']> (w_lists w) /\
    m_chunk_size l' = m_chunk_size l /\ m_manager l' = m_manager l /\ m_queue l' ≡ₚ List.filter (fun i => negb (env_sync env id i mode)) (m_queue l) /\ failed = queued l' /\ w_errors w' = w_errors w.
Proof.
  intros Hw Hl flags' Ha Hf mode.
  destruct (sync_queue_ok env hs id flags w l Hw Hl) as (failed & w' & l' & E & Hok & [S1 S2 S3 S4 S5 S6 S7 S8 (rest & tried & Hp & Hq & Hfail & _ & Hall)] & _).
  cbn zeta in *. fold flags' in Hq, Hfail, Hall. pose proof (wo_lists _ _ Hw id l Hl) as [Hd Hin _].
  assert (Hrest : rest = []).
  { destruct rest as [|x rest]; [done|]. exfalso. rewrite Hp in Hd. cbn in Hd. apply NoDup_cons in Hd as [Hx _]. apply Hx, elem_of_app. right.
    apply Hall; [rewrite Hf; apply andb_false_r|rewrite Hp; left|by left]. }
  subst rest. cbn [app] in Hp, Hq.
  assert (Hopt : forall i, i ∈ tried -> keeps env id flags' l i = negb (env_sync env id i mode) /\ fails env id flags' l i = negb (env_sync env id i mode)).
  { intros i Hi. destruct (lookup_lt_is_Some_2 (nodes l) i) as (n & Hn); [apply Hin; by rewrite Hp|]. unfold keeps, fails, sync_options.
    rewrite Hn, Hf. cbn [fst snd]. by rewrite andb_true_r. }
  exists failed, w', l'. split_and!; [done|done|done|done|done| | |done].
  - rewrite Hq, (filter_ext_in _ (fun i => negb (env_sync env id i mode))) by (intros i Hi; by apply Hopt).
    clear -Hp. induction Hp; cbn; [done|by destruct (negb _); [constructor|]|destruct (negb (env_sync env id y mode)), (negb (env_sync env id x mode)); done || constructor|by etrans].
  - unfold queued. rewrite Hfail, Hq. unfold zlen. f_equal. clear -Hopt. induction tried as [|x t IH]; [done|]. cbn [List.filter]. rewrite count_cons.
    destruct (Hopt x ltac:(left)) as [-> ->]. rewrite IH by (intros i Hi; apply Hopt; by right). by destruct (negb _).
Qed.

(** Saving the chunks of a download (sync_chunks with sync_all and
    sync_force) always returns and tries every chunk of the queue, to the end
    when the user asked for safe syncing or the disk is nearly full.  When all
    can be written the queue is empty afterwards; otherwise the download is
    closed, with all its chunks let go of. *)
Theorem forced_sync_writes_queue env id w l : state_ok w -> w_lists w !! id = Some l ->
  let mode := if m_safe_sync (w_memory w) || (env_free_diskspace env id <=? sync_safe_free_diskspace (w_memory w)) then sync_sync else sync_async in
  let failing := List.filter (fun i => negb (env_sync env id i mode)) (m_queue l) in
  exists w' l', sync_chunks env id (Z.lor sync_all sync_force) w = Ok (zlen failing, w') /\ state_ok w' /\ w_lists w' = <[id := l']> (w_lists w) /\
    m_queue l' = [] /\ (failing <> [] -> nodes l' = []) /\
    w_errors w' = (if zlen failing =? 0 then w_errors w else w_errors w ++ [id]).
Proof.
  intros Hw Hl mode failing. set (flags := Z.lor sync_all sync_force).
  assert (Hflags : choose_flags env id flags (w_memory w) =
    if m_safe_sync (w_memory w) || (env_free_diskspace env id <=? sync_safe_free_diskspace (w_memory w)) then Z.lor flags sync_safe else Z.lor flags sync_force).
  { unfold choose_flags. by destruct (m_safe_sync _), (_ <=? _). }
  destruct (force_sync_ok env (w_held w) id flags w l Hw Hl) as (failed & w1 & l1 & E & Hok & H1 & _ & _ & H3 & H4 & H5);
    [rewrite Hflags; by destruct (_ || _)|rewrite Hflags; by destruct (_ || _)|].
  assert (Hq : m_queue l1 ≡ₚ failing) by (rewrite H3, Hflags; unfold failing, mode; by destruct (_ || _)).
  assert (Hf : failed = zlen failing) by (rewrite H4; unfold queued, zlen; by rewrite Hq). subst failed. rewrite Hf in *.
  assert (Hheld : w_held w1 = w_held w).
  { destruct (sync_queue_ok env (w_held w) id flags w l Hw Hl) as (? & ? & ? & E' & _ & Hsy & _). rewrite E in E'. injection E' as <- <-.
    apply (sy_held _ _ _ _ _ _ _ _ Hsy). }
  assert (Hl1 : w_lists w1 !! id = Some l1) by (rewrite H1; apply lookup_insert_eq).
  unfold sync_chunks. rewrite E. cbn [mbind res_bind]. change (has flags sync_ignore_error) with false. rewrite andb_true_r.
  destruct (zlen failing =? 0) eqn:Ez; cbn [negb].
  - cbn [mbind res_bind]. exists w1, l1. assert (Hnil : failing = []) by (unfold zlen in Ez; bool_prop; by destruct failing).
    rewrite Hnil in Hq. apply Permutation_nil_r in Hq. split_and!; try done; unfold state_ok; by rewrite Hheld.
  - destruct (storage_error_ok env id w1 l1) as (w' & -> & Hw' & L & _ & R & _); [by rewrite Hheld|done|]. cbn [mbind res_bind].
    exists w', (closed l1). split_and!; [done|done|by rewrite L, H1, insert_insert_eq|done|done|by rewrite R, H5].
Qed.

(** C27: Closing a download (DownloadWrapper::close: everything is synced with
    errors ignored, then the list is cleared) always returns when no handle on
    its chunks is left, even if chunks cannot be written: the list has no node
    and no queue afterwards, nothing of it is accounted for in the memory
    manager any more, and no storage error is raised. *)
Theorem close_releases env hs id w l : world_ok hs w -> w_lists w !! id = Some l -> unheld hs id ->
  exists failed w1 w2, sync_chunks env id (Z.lor (Z.lor sync_all sync_force) (Z.lor sync_sloppy sync_ignore_error)) w = Ok (failed, w1) /\ clear id w1 = Ok w2 /\
    w_lists w2 = <[id := List [] [] (m_chunk_size l) (m_manager l)]> (w_lists w) /\ w_errors w2 = w_errors w /\ world_ok hs w2 /\
    m_memory_usage (w_memory w2) = m_memory_usage (w_memory w) - m_chunk_size l * mapped l /\
    m_sync_queue_memory_usage (w_memory w2) = m_sync_queue_memory_usage (w_memory w) - m_chunk_size l * queued l.
Proof.
  intros Hw Hl Hu. set (flags := Z.lor _ _).
  destruct (force_sync_ok env hs id flags w l Hw Hl) as (failed & w1 & l1 & E1 & Hw1 & L1 & S1 & G1 & _ & _ & R1); [done|done|].
  destruct (list_clear_ok hs id w1 l1 Hw1 ltac:(rewrite L1; apply lookup_insert_eq) Hu) as (w2 & E2 & Hw2 & L2 & _ & R2 & _).
  rewrite L1, insert_insert_eq, S1, G1 in L2. exists failed, w1, w2. split_and!; [|done|done|by rewrite R2, R1|done| |].
  - unfold sync_chunks. rewrite E1. cbn [mbind res_bind]. change (has flags sync_ignore_error) with true. by rewrite andb_false_r.
  - rewrite (mo_usage _ (wo_memory _ _ Hw2)), (mo_usage _ (wo_memory _ _ Hw)), L2, (total_insert _ _ id l) by done.
    change (mapped (List [] [] (m_chunk_size l) (m_manager l))) with 0. lia.
  - rewrite (so_bytes _ (wo_sync _ _ Hw2)), (so_bytes _ (wo_sync _ _ Hw)), L2, (total_insert _ _ id l) by done.
    change (queued (List [] [] (m_chunk_size l) (m_manager l))) with 0. lia.
Qed.

(** Asking for a chunk of a list that is in the manager answers with a handle on
    the chunk asked for that can be written to if that was asked, or with an
    error number and every count as it was, and memory that is within its limit
    stays within it; unless the list is closed while room is made. *)
Theorem get_within_limit env id i flags w l n : creates_asked env -> state_ok w -> zlen (w_held w) + 1 < 2 ^ 31 - 1 ->
  w_lists w !! id = Some l -> m_manager l = true -> nodes l !! i = Some n -> get_allowed flags n ->
  (exists h w', get env id i flags w = Ok (h, w') /\ get_result flags (w_held w') id i h w' /\
    (m_memory_usage (w_memory w) <= m_max_memory_usage (w_memory w) -> m_memory_usage (w_memory w') <= m_max_memory_usage (w_memory w))) \/
  (get env id i flags w = UB /\ closed_under env id i flags w).
Proof.
  intros Hc Hw Hfew Hl Hmg Hn Ha. destruct (get_ok env id i flags w l n Hw Hc Hfew Hl Hmg Hn Ha) as [(h & w' & E & Hr & _ & Hle)|?]; [left|by right].
  exists h, w'. split_and!; [done|done|lia].
Qed.

(** ** Witnesses and examples *)

Definition plain_env (now : Z) : environment := Env now (fun _ => 2 ^ 40) (fun _ _ _ => true) (fun _ _ _ prot => inl prot).

Lemma plain_creates now : creates_asked (plain_env now).
Proof. intros id i hashing prot p E. injection E as <-. apply Z.land_lnot_diag. Qed.

(** A list of three chunks; the second was written to and waits in the queue. *)
Definition sample_calls : list (environment * list_call) := map (fun c => (plain_env 1000000000, c))
  [CNew 0 524288; CInsert 0; CResize 0 3; CGet 0 1 17; CModified 0 1; CRelease (Held 0 1 true false)].
Definition sample_end : list (environment * list_call) := map (fun c => (plain_env 2000000000, c)) [CSync 0 3; CPeriodicSync; CClear 0; CErase 0].

Definition sample_memory : memory := new_memory None 1.
Definition sample_nodes : list ChunkListNode := [new_node; Node (Some 3) 1 1 0 false 1000000000 0; new_node].
Definition sample_list : chunk_list := List sample_nodes [1%nat] 524288 true.
Definition sample_world : world := World {[ 0%nat := sample_list ]} [0%nat] 0 0 (set_sync_queue 1 524288 (set_usage 524288 1 sample_memory)) [] [].

(** A chunk of the list is written to and waits in the queue, memory is short,
    and another chunk is asked for: the write fails, and the download is closed
    under the request. *)
Definition no_write_env (now : Z) : environment := Env now (fun _ => 2 ^ 40) (fun _ _ _ => false) (fun _ _ _ prot => inl prot).
Definition sample_broken : list (environment * list_call) := map (fun c => (plain_env 1000000000, c))
  [CNew 0 524288; CInsert 0; CResize 0 3; CGet 0 1 17; CRelease (Held 0 1 true false)] ++ [(no_write_env 2000000000, CGet 0 2 17)].

Lemma no_write_creates now : creates_asked (no_write_env now).
Proof. intros id i hashing prot p E. injection E as <-. apply Z.land_lnot_diag. Qed.

Ltac next_call := split; [apply plain_creates || apply no_write_creates|]; split;
  [cbn [allowed]|let E := fresh in intros w' E; vm_compute in E; injection E as <-; cbn [map app]].

Lemma sample_run : run sample_calls (new_world sample_memory) = Ok sample_world.
Proof. vm_compute. reflexivity. Qed.

Lemma sample_allowed : all_allowed (sample_calls ++ sample_end) (new_world sample_memory).
Proof.
  next_call; [done|]. next_call; [split; [by eexists|done]|]. next_call; [by eexists|].
  next_call; [split; [eexists _, _; split_and!; [reflexivity|reflexivity|reflexivity|split; [done|intros _ H; by destruct H]]|done]|].
  next_call; [eexists; split_and!; [left|done|done]|]. next_call; [left|]. next_call; [by eexists|]. next_call; [done|].
  next_call; [split; [by eexists|done]|]. next_call; [split_and!; [by eexists|done|left]|]. done.
Qed.

Lemma broken_allowed : all_allowed sample_broken (new_world sample_memory).
Proof.
  next_call; [done|]. next_call; [split; [by eexists|done]|]. next_call; [by eexists|].
  next_call; [split; [eexists _, _; split_and!; [reflexivity|reflexivity|reflexivity|split; [done|intros _ H; by destruct H]]|done]|].
  next_call; [left|]. split; [apply no_write_creates|]. split; [|done].
  split; [eexists _, _; split_and!; [reflexivity|reflexivity|reflexivity|split; [done|intros _ H; by destruct H]]|done].
Qed.

Lemma all_allowed_app cs cs' : forall w, all_allowed (cs ++ cs') w -> all_allowed cs w.
Proof. induction cs as [|[env c] cs IH]; intros w Ha; [done|]. destruct Ha as (H1 & H2 & H3). split_and!; [done|done|]. intros w' E. by apply IH, H3. Qed.

Lemma sample_world_ok : world_ok [] sample_world.
Proof.
  destruct (run_ok sample_calls (new_world sample_memory) (new_world_ok None 1)) as [(w & E & Hw)|[E _]]; [eapply all_allowed_app, sample_allowed| |];
    rewrite sample_run in E; [by injection E as <-|done].
Qed.

(** C2 at the calls of the sample, all of which return, and at those of which
    the last one breaks. *)
Lemma chunk_lists_never_throw_witness :
  (exists w, run (sample_calls ++ sample_end) (new_world sample_memory) = Ok w /\ state_ok w) /\
  (run sample_broken (new_world sample_memory) = UB /\ broken sample_broken (new_world sample_memory)).
Proof.
  split.
  - destruct (chunk_lists_never_throw None 1 (sample_calls ++ sample_end) sample_allowed) as [H|[H _]]; [exact H|].
    vm_compute in H. discriminate H.
  - destruct (chunk_lists_never_throw None 1 sample_broken broken_allowed) as [(w & H & _)|H]; [|exact H].
    vm_compute in H. discriminate H.
Defined.

(** The chunk cannot be written: the list is closed. *)
Lemma forced_sync_writes_queue_witness : exists w' l',
  sync_chunks (Env 0 (fun _ => 0) (fun _ _ _ => false) (fun _ _ _ p => inl p)) 0 3 sample_world = Ok (1, w') /\ nodes l' = [] /\ w_errors w' = [0%nat] /\
  w_lists w' = <[0%nat := l']> (w_lists sample_world).
Proof.
  set (env := Env 0 _ _ _).
  destruct (forced_sync_writes_queue env 0 sample_world sample_list sample_world_ok ltac:(reflexivity)) as (w' & l' & E & _ & H1 & _ & H3 & H4).
  exists w', l'. split_and!; [exact E|apply H3; discriminate|exact H4|exact H1].
Defined.

(** C27 where the chunk cannot be written. *)
Lemma close_releases_witness : exists failed w1 w2,
  sync_chunks (Env 0 (fun _ => 0) (fun _ _ _ => false) (fun _ _ _ p => inl p)) 0 43 sample_world = Ok (failed, w1) /\ clear 0 w1 = Ok w2 /\
  m_memory_usage (w_memory w2) = 0 /\ w_errors w2 = [].
Proof.
  set (env := Env 0 _ _ _).
  destruct (close_releases env [] 0 sample_world sample_list sample_world_ok ltac:(reflexivity) ltac:(intros i; reflexivity))
    as (failed & w1 & w2 & E1 & E2 & _ & H1 & _ & H2 & _).
  exists failed, w1, w2. split_and!; [exact E1|exact E2|exact H2|exact H1].
Defined.

(** The chunk that waits in the queue, for reading. *)
Lemma get_within_limit_witness : exists h w', get (plain_env 5) 0 1 16 sample_world = Ok (h, w') /\ get_result 16 [] 0 1 h w'.
Proof.
  destruct (get_within_limit (plain_env 5) 0 1 16 sample_world sample_list (Node (Some 3) 1 1 0 false 1000000000 0) (plain_creates 5) sample_world_ok)
    as [(h & w' & E & H & _)|[E _]]; [done|reflexivity|reflexivity|reflexivity|split; [reflexivity|done]| |vm_compute in E; discriminate E].
  exists h, w'. split; [exact E|]. vm_compute in E. injection E as <- <-. exact H.
Defined.

(** [allocate] compares what it read before it tried to free memory: a chunk is
    refused for want of memory although both chunks of a list of one megabyte
    were just written and let go, and nothing is in use. *)
Definition full_world : world :=
  World {[ 0%nat := List [Node (Some 3) 1 1 0 false 0 0; Node (Some 3) 1 1 0 false 0 0; new_node] [0%nat; 1%nat] 524288 true ]} [0%nat] 0 0
    (set_sync_queue 2 1048576 (set_usage 1048576 2 sample_memory)) [] [].

Example refused_with_memory_free : exists w',
  get (plain_env 1000000000) 0 2 17 full_world = Ok (from_error ENOMEM, w') /\ m_memory_usage (w_memory w') = 0 /\ m_max_memory_usage (w_memory w') = 1048576.
Proof. eexists. split_and!; vm_compute; reflexivity. Qed.

(** [partition_optimize] moves a range it means to leave out only past the
    ranges before it: the first one is synced all the same. *)
Definition ranges_world : world :=
  World {[ 0%nat := List (<[10%nat := Node (Some 3) 1 1 0 false 1 0]> (<[0%nat := Node (Some 3) 1 1 0 false 999999999 0]> (replicate 11 new_node))) [0%nat; 10%nat] 16384 true ]}
    [0%nat] 0 0 (set_safe_sync true sample_memory) [] [].

Example small_range_not_left_out :
  check_node (plain_env 1000000000) 0 0 ranges_world = Ok false /\ check_node (plain_env 1000000000) 0 10 ranges_world = Ok true /\
  partition_optimize (plain_env 1000000000) 0 ranges_world 0 50 5 false [0%nat; 10%nat] = Ok (0%nat, [0%nat; 10%nat]).
Proof. split_and!; vm_compute; reflexivity. Qed.
End ChunkList.
