(* ===== verification/FileManager.v ===== *)
(** * Open files (src/torrent/path.cc, src/torrent/data/file.cc, file.h,
      file_manager.cc, src/utils/fd_close_queue.cc)

    Module [Path]: paths as lists of names.
    Module [File]: a file of a download, its place in the torrent and its flags.
    Module [FileManager]: which files are open, never more than a limit; the
    least recently used ones are closed to make room.
    Module [FdCloseQueue]: the thread that closes descriptors, with the
    interleavings of its steps and those of the thread that fills its queue.

    A file is an entry of a store and a pointer to it its number.  What the
    operating system answers is an argument; a failed [assert] is undefined. *)

From S2P Require Import Prelude.

Module Path.

(** A name is its bytes. *)
Definition Path := list (list Z).

Definition slash : Z := 47.

(** [insert] returns the place of the new name, where the next one goes. *)
Fixpoint insert_loop (fuel pos : nat) (path : list Z) (p : Path) : Path :=
  match fuel with
  | O => p
  | S fuel =>
    match path with
    | [] => p
    | _ =>
      let '(name, last) := find_split (Z.eqb slash) path in
      let p := take pos p ++ name :: drop pos p in
      match last with [] => p | _ :: first => insert_loop fuel pos first p end
    end
  end.
Definition insert_path (pos : nat) (path : list Z) (p : Path) : Path := insert_loop (length path) pos path p.
Definition push_back (path : list Z) (p : Path) : Path := insert_path (length p) path p.

(** [std::lexicographical_compare] *)
Fixpoint lex_less {A} (less : A -> A -> bool) (l r : list A) : bool :=
  match l, r with
  | [], [] => false
  | [], _ :: _ => true
  | _ :: _, [] => false
  | a :: l, b :: r => if less a b then true else if less b a then false else lex_less less l r
  end.
Definition compare_less (left right : Path) : bool := lex_less (lex_less Z.ltb) left right.

Definition is_prefix (prefix path : Path) : bool :=
  (length prefix <=? length path)%nat && bool_decide (prefix = take (length prefix) path).

Definition as_string (p : Path) : list Z := p ≫= (fun c => slash :: c).

(** The number of names two paths have in common from the root on. *)
Fixpoint common (l r : Path) : nat :=
  match l, r with
  | a :: l, b :: r => if bool_decide (a = b) then S (common l r) else O
  | _, _ => O
  end.

(** Names that come with slashes in them end up in reverse. *)
Example push_back_reverses : push_back [97; 47; 98] [] = [[98]; [97]].
Proof. reflexivity. Qed.

(** There is a slash in front of the first name too. *)
Example as_string_leads_with_slash : as_string [[97]; [98]] = [47; 97; 47; 98].
Proof. reflexivity. Qed.
End Path.

Module File.
Import Path.

Inductive priority_enum := PRIORITY_OFF | PRIORITY_NORMAL | PRIORITY_HIGH.

Definition flag_active : Z := 1.
Definition flag_create_queued : Z := 2.
Definition flag_resize_queued : Z := 4.
Definition flag_fallocate : Z := 8.
Definition flag_previously_created : Z := 16.
Definition flag_prioritize_first : Z := 32.
Definition flag_prioritize_last : Z := 64.
Definition flag_attr_padding : Z := 128.

Record File := mkFile {
  m_fd : Z;
  m_protection : Z;
  m_flags : Z;
  m_path : Path;
  m_frozen_path : list Z;
  m_offset : Z;
  m_size : Z;
  m_last_touched : Z;
  m_range : Z * Z;
  m_completed : Z;
  m_priority : priority_enum;
  m_match_depth_prev : Z;
  m_match_depth_next : Z }.

Definition new_file : File := mkFile (-1) 0 0 [] [] 0 0 0 (0, 0) 0 PRIORITY_NORMAL 0 0.

(** Changes of the descriptor and of what goes with it, of the flags, of the
    place in the torrent, and of the rest. *)
Definition set_open (fd prot : Z) (f : File) : File :=
  mkFile fd prot (m_flags f) (m_path f) (m_frozen_path f) (m_offset f) (m_size f) (m_last_touched f) (m_range f) (m_completed f)
    (m_priority f) (m_match_depth_prev f) (m_match_depth_next f).
Definition put_flags (flags : Z) (f : File) : File :=
  mkFile (m_fd f) (m_protection f) flags (m_path f) (m_frozen_path f) (m_offset f) (m_size f) (m_last_touched f) (m_range f) (m_completed f)
    (m_priority f) (m_match_depth_prev f) (m_match_depth_next f).
Definition set_last_touched (t : Z) (f : File) : File :=
  mkFile (m_fd f) (m_protection f) (m_flags f) (m_path f) (m_frozen_path f) (m_offset f) (m_size f) t (m_range f) (m_completed f)
    (m_priority f) (m_match_depth_prev f) (m_match_depth_next f).
Definition set_path (p : Path) (f : File) : File :=
  mkFile (m_fd f) (m_protection f) (m_flags f) p (m_frozen_path f) (m_offset f) (m_size f) (m_last_touched f) (m_range f) (m_completed f)
    (m_priority f) (m_match_depth_prev f) (m_match_depth_next f).
Definition set_frozen_path (p : list Z) (f : File) : File :=
  mkFile (m_fd f) (m_protection f) (m_flags f) (m_path f) p (m_offset f) (m_size f) (m_last_touched f) (m_range f) (m_completed f)
    (m_priority f) (m_match_depth_prev f) (m_match_depth_next f).
Definition set_offset (off : Z) (f : File) : File :=
  mkFile (m_fd f) (m_protection f) (m_flags f) (m_path f) (m_frozen_path f) off (m_size f) (m_last_touched f) (m_range f) (m_completed f)
    (m_priority f) (m_match_depth_prev f) (m_match_depth_next f).
Definition set_size_bytes (size : Z) (f : File) : File :=
  mkFile (m_fd f) (m_protection f) (m_flags f) (m_path f) (m_frozen_path f) (m_offset f) size (m_last_touched f) (m_range f) (m_completed f)
    (m_priority f) (m_match_depth_prev f) (m_match_depth_next f).
Definition put_range (r : Z * Z) (f : File) : File :=
  mkFile (m_fd f) (m_protection f) (m_flags f) (m_path f) (m_frozen_path f) (m_offset f) (m_size f) (m_last_touched f) r (m_completed f)
    (m_priority f) (m_match_depth_prev f) (m_match_depth_next f).
Definition set_completed_protected (v : Z) (f : File) : File :=
  mkFile (m_fd f) (m_protection f) (m_flags f) (m_path f) (m_frozen_path f) (m_offset f) (m_size f) (m_last_touched f) (m_range f) v
    (m_priority f) (m_match_depth_prev f) (m_match_depth_next f).
Definition set_priority (p : priority_enum) (f : File) : File :=
  mkFile (m_fd f) (m_protection f) (m_flags f) (m_path f) (m_frozen_path f) (m_offset f) (m_size f) (m_last_touched f) (m_range f) (m_completed f)
    p (m_match_depth_prev f) (m_match_depth_next f).
Definition put_match_depth (prev next : Z) (f : File) : File :=
  mkFile (m_fd f) (m_protection f) (m_flags f) (m_path f) (m_frozen_path f) (m_offset f) (m_size f) (m_last_touched f) (m_range f) (m_completed f)
    (m_priority f) prev next.

Definition has_flags (flags : Z) (f : File) : bool := negb (Z.land (m_flags f) flags =? 0).
Definition is_open (f : File) : bool := negb (m_fd f =? -1).
Definition is_padding (f : File) : bool := has_flags flag_attr_padding f.
Definition has_permissions (prot : Z) (f : File) : bool := Z.land prot (Z.lnot (m_protection f)) =? 0.

Definition set_flags_protected (flags : Z) (f : File) : File := put_flags (Z.lor (m_flags f) flags) f.
Definition unset_flags_protected (flags : Z) (f : File) : File := put_flags (Z.land (m_flags f) (Z.lnot flags)) f.
(** create_queued, resize_queued, fallocate, prioritize_first, prioritize_last, padding *)
Definition user_flags : Z := 238.
Definition set_flags (flags : Z) (f : File) : File := set_flags_protected (Z.land flags user_flags) f.
Definition unset_flags (flags : Z) (f : File) : File := unset_flags_protected (Z.land flags user_flags) f.

Definition range_first (f : File) : Z := fst (m_range f).
Definition range_second (f : File) : Z := snd (m_range f).
Definition size_chunks (f : File) : Z := u32 (range_second f - range_first f).
Definition inc_completed_protected (f : File) : File := set_completed_protected (u32 (m_completed f + 1)) f.

Definition is_valid_position (p : Z) (f : File) : bool := (m_offset f <=? p) && (p <? u64 (m_offset f + m_size f)).

Definition set_completed_chunks (v : Z) (f : File) : res File :=
  _ ← throw_when (has_flags flag_active f) internal_error;
  _ ← throw_when (size_chunks f <? v) internal_error;
  Ok (set_completed_protected v f).

Definition set_range (chunkSize : Z) (f : File) : File :=
  put_range (if chunkSize =? 0 then (0, 0)
             else if m_size f =? 0 then (u32 (m_offset f / chunkSize), u32 (m_offset f / chunkSize))
             else (u32 (m_offset f / chunkSize), u32 (u64 (m_offset f + m_size f + chunkSize - 1) / chunkSize))) f.

Definition set_match_depth_prev (l : Z) (f : File) : File := put_match_depth l (m_match_depth_next f) f.
Definition set_match_depth_next (l : Z) (f : File) : File := put_match_depth (m_match_depth_prev f) l f.
Definition set_match_depth (left right : File) : File * File :=
  let level := u32 (Z.of_nat (common (m_path left) (m_path right))) in
  (set_match_depth_next level left, set_match_depth_prev level right).
End File.

Module FileManager.
Import Path File.

Record world := World {
  w_files : gmap nat File;
  fm_open : list nat;
  m_max_open_files : Z;
  m_files_opened_counter : Z;
  m_files_closed_counter : Z;
  m_files_failed_counter : Z;
  m_least_active_cache : list (nat * Z);
  w_closing : list Z;
  w_waits : list Z }.

(** [w_closing]: the descriptors given to the thread that closes them, in
    order; [w_waits]: the arguments of the calls that wait for it. *)

Definition set_files (m : gmap nat File) (w : world) : world :=
  World m (fm_open w) (m_max_open_files w) (m_files_opened_counter w) (m_files_closed_counter w) (m_files_failed_counter w)
    (m_least_active_cache w) (w_closing w) (w_waits w).
Definition set_fm (l : list nat) (w : world) : world :=
  World (w_files w) l (m_max_open_files w) (m_files_opened_counter w) (m_files_closed_counter w) (m_files_failed_counter w)
    (m_least_active_cache w) (w_closing w) (w_waits w).
Definition set_max (n : Z) (w : world) : world :=
  World (w_files w) (fm_open w) n (m_files_opened_counter w) (m_files_closed_counter w) (m_files_failed_counter w)
    (m_least_active_cache w) (w_closing w) (w_waits w).
Definition set_counters (opened closed failed : Z) (w : world) : world :=
  World (w_files w) (fm_open w) (m_max_open_files w) opened closed failed (m_least_active_cache w) (w_closing w) (w_waits w).
Definition set_cache (c : list (nat * Z)) (w : world) : world :=
  World (w_files w) (fm_open w) (m_max_open_files w) (m_files_opened_counter w) (m_files_closed_counter w) (m_files_failed_counter w)
    c (w_closing w) (w_waits w).
Definition set_closing (l : list Z) (w : world) : world :=
  World (w_files w) (fm_open w) (m_max_open_files w) (m_files_opened_counter w) (m_files_closed_counter w) (m_files_failed_counter w)
    (m_least_active_cache w) l (w_waits w).
Definition add_wait (n : Z) (w : world) : world :=
  World (w_files w) (fm_open w) (m_max_open_files w) (m_files_opened_counter w) (m_files_closed_counter w) (m_files_failed_counter w)
    (m_least_active_cache w) (w_closing w) (w_waits w ++ [n]).

Definition get_file (id : nat) (w : world) : res File := of_deref (w_files w !! id).
Definition set_file (id : nat) (f : File) (w : world) : world := set_files (<[id := f]> (w_files w)) w.

(** The clock, the descriptors that wait to be closed, and the system calls. *)
Record environment := Env {
  env_now : Z;
  env_remaining : Z;
  env_open : list Z -> Z -> option Z;
  env_size : Z -> Z;
  env_set_size : Z -> Z -> bool;
  env_allocate : Z -> Z -> bool }.

Definition prot_read : Z := 1.
Definition prot_write : Z := 2.

Definition O_RDONLY : Z := 0.
Definition O_WRONLY : Z := 1.
Definition O_RDWR : Z := 2.
Definition O_CREAT : Z := 64.

(** [SocketFile::open] of a new object *)
Definition socket_open (env : environment) (path : list Z) (prot flags : Z) : res (option Z) :=
  let read := negb (Z.land prot prot_read =? 0) in
  let write := negb (Z.land prot prot_write =? 0) in
  _ ← throw_when (negb read && negb write) internal_error;
  Ok (env_open env path (Z.lor flags (if read && write then O_RDWR else if read then O_RDONLY else O_WRONLY))).

(** ** Closing *)

(** [FdCloseQueue::close_fd] and [close_fds], as far as the caller sees them *)
Definition close_fd (fd : Z) (w : world) : res world := _ ← throw_when (fd <? 0) internal_error; Ok (set_closing (w_closing w ++ [fd]) w).
Definition close_fds (fds : list Z) (w : world) : world := set_closing (w_closing w ++ fds) w.

(** [std::erase_if] on the cache reads the time of every other file in it. *)
Fixpoint erase_stale (id : nat) (w : world) (cache : list (nat * Z)) : res (list (nat * Z)) :=
  match cache with
  | [] => Ok []
  | (other, time) :: cache =>
    gone ← (if (other =? id)%nat then Ok true else f ← get_file other w; Ok (negb (time =? m_last_touched f)));
    cache ← erase_stale id w cache;
    Ok (if gone : bool then cache else (other, time) :: cache)
  end.

Definition detach_at (itr : nat) (w : world) : res (Z * world) :=
  id ← of_deref (fm_open w !! itr);
  f ← get_file id w;
  back ← of_deref (last (fm_open w));
  let w := set_file id (set_open (-1) 0 f) w in
  let w := set_fm (take (length (fm_open w) - 1) (<[itr := back]> (fm_open w))) w in
  cache ← erase_stale id w (m_least_active_cache w);
  let w := set_cache cache w in
  Ok (m_fd f, set_counters (m_files_opened_counter w) (u64 (m_files_closed_counter w + 1)) (m_files_failed_counter w) w).

Definition detach (id : nat) (w : world) : res (Z * world) :=
  f ← get_file id w;
  _ ← ub_when (negb (is_open f) || is_padding f);
  match list_find (fun i => i = id) (fm_open w) with
  | None => Throw internal_error
  | Some (itr, _) => detach_at itr w
  end.

Definition close (id : nat) (w : world) : res world := '(fd, w) ← detach id w; close_fd fd w.

Fixpoint close_loop (files : list nat) (fds : list Z) (w : world) : res (list Z * world) :=
  match files with
  | [] => Ok (fds, w)
  | id :: files =>
    f ← get_file id w;
    if negb (is_open f) || is_padding f then close_loop files fds w
    else '(fd, w) ← detach id w; close_loop files (fds ++ [fd]) w
  end.
Definition close_files (files : list nat) (w : world) : res world := '(fds, w) ← close_loop files [] w; Ok (close_fds fds w).

(** ** Choosing what to close *)

Definition touched (w : world) (id : nat) : res Z := f ← get_file id w; Ok (m_last_touched f).

Definition swap (a b : nat) (q : list nat) : list nat :=
  match q !! a, q !! b with Some x, Some y => <[b := x]> (<[a := y]> q) | _, _ => q end.

(** The element at [itr] moves to the left until it is in order. *)
Fixpoint sift (w : world) (itr : nat) (files : list nat) : res (list nat) :=
  match itr with
  | O => Ok files
  | S prev =>
    a ← of_deref (files !! itr); b ← of_deref (files !! prev);
    ta ← touched w a; tb ← touched w b;
    if tb <=? ta then Ok files else sift w prev (swap itr prev files)
  end.

Fixpoint least_loop (w : world) (count : Z) (l files : list nat) : res (list nat) :=
  match l with
  | [] => Ok files
  | id :: l =>
    next ← (if zlen files =? count then
              back ← of_deref (last files);
              t ← touched w id; tb ← touched w back;
              Ok (if tb <=? t then None else Some (<[(length files - 1)%nat := id]> files))
            else Ok (Some (files ++ [id])));
    match next with
    | None => least_loop w count l files
    | Some files => files ← sift w (length files - 1) files; least_loop w count l files
    end
  end.
Definition get_least_active (count : Z) (w : world) : res (list nat) := if count =? 0 then Ok [] else least_loop w count (fm_open w) [].

(** The count that is left, how far the cache was read, and what to close. *)
Fixpoint cache_loop (w : world) (count : Z) (cache : list (nat * Z)) (idx : nat) (files : list nat) : res (Z * nat * list nat) :=
  match cache with
  | [] => Ok (count, idx, files)
  | (id, time) :: cache =>
    if count =? 0 then Ok (count, idx, files)
    else
      f ← get_file id w;
      if negb (m_last_touched f =? time) || negb (is_open f) then cache_loop w count cache (S idx) files
      else _ ← ub_when (is_padding f); cache_loop w (u32 (count - 1)) cache (S idx) (files ++ [id])
  end.
Definition evict_least_active_from_cache (count : Z) (w : world) : res (Z * world) :=
  '(count, idx, files) ← cache_loop w count (m_least_active_cache w) 0 [];
  w ← close_files files (set_cache (drop idx (m_least_active_cache w)) w);
  Ok (count, w).

Fixpoint cache_of (w : world) (files : list nat) : res (list (nat * Z)) :=
  match files with [] => Ok [] | id :: files => t ← touched w id; cache ← cache_of w files; Ok ((id, t) :: cache) end.

Definition evict_least_active (count : Z) (w : world) : res world :=
  '(count, w) ← evict_least_active_from_cache count w;
  if count =? 0 then Ok w
  else
    let cache_size := m_max_open_files w / 16 in
    files_to_close ← get_least_active (u32 (count + cache_size)) w;
    cache ← cache_of w (drop (Z.to_nat count) files_to_close);
    w ← close_files files_to_close (set_cache [] w);
    Ok (set_cache cache w).

Definition open_files (w : world) : Z := zlen (fm_open w).

Definition verify_max_open_or_evict (env : environment) (reserve_count : Z) (w : world) : res world :=
  _ ← throw_when (m_max_open_files w <? reserve_count) input_error;
  w ← (if m_max_open_files w <? open_files w + reserve_count then
         w ← evict_least_active (u32 (open_files w + reserve_count - m_max_open_files w)) w;
         _ ← throw_when (m_max_open_files w <? open_files w + reserve_count) internal_error;
         Ok w
       else Ok w);
  let current_count := open_files w + reserve_count + env_remaining env in
  let w := if m_max_open_files w <? current_count then add_wait (u32 (current_count - m_max_open_files w)) w else w in
  _ ← throw_when (m_max_open_files w <? open_files w + reserve_count) internal_error;
  Ok w.

Definition set_max_open_files (env : environment) (s : Z) (w : world) : res world :=
  _ ← throw_when ((s <? 4) || (65536 <? s)) input_error;
  verify_max_open_or_evict env 0 (set_max s w).

(** ** Opening *)

Definition open (env : environment) (id : nat) (prot flags : Z) (w : world) : res (bool * world) :=
  f ← get_file id w;
  if is_padding f then Ok (true, w)
  else
    w ← (if is_open f then close id w else Ok w);
    w ← verify_max_open_or_evict env 1 w;
    f ← get_file id w;
    fd ← socket_open env (m_frozen_path f) prot flags;
    match fd with
    | None => Ok (false, set_counters (m_files_opened_counter w) (m_files_closed_counter w) (u64 (m_files_failed_counter w + 1)) w)
    | Some fd =>
      let w := set_file id (set_open fd prot f) w in
      let w := set_fm (fm_open w ++ [id]) w in
      Ok (true, set_counters (u64 (m_files_opened_counter w + 1)) (m_files_closed_counter w) (m_files_failed_counter w) w)
    end.

(** [File::resize_file] *)
Definition resize_file (env : environment) (f : File) : bool :=
  if is_padding f then true
  else if negb (is_open f) then false
  else if m_size f =? env_size env (m_fd f) then true
  else if negb (env_set_size env (m_fd f) (m_size f)) then false
  else if has_flags flag_fallocate f && negb (match m_priority f with PRIORITY_OFF => true | _ => false end) then env_allocate env (m_fd f) (m_size f)
  else true.

(** [File::prepare] *)
Definition prepare (env : environment) (id : nat) (prot flags : Z) (w : world) : res (bool * world) :=
  f ← get_file id w;
  if is_padding f then Ok (true, w)
  else
    let f := set_last_touched (env_now env) f in
    let w := set_file id f w in
    if is_open f && has_permissions prot f then Ok (true, w)
    else
      let flags := if has_flags flag_create_queued f then Z.lor flags O_CREAT else Z.land flags (Z.lnot O_CREAT) in
      '(done, w) ← open env id prot flags w;
      if negb done then Ok (false, w)
      else
        f ← get_file id w;
        let f := unset_flags_protected flag_create_queued (set_flags_protected flag_previously_created f) in
        if has_flags flag_resize_queued f && has_permissions prot_write f then
          let f := unset_flags_protected flag_resize_queued f in
          Ok (resize_file env f, set_file id f w)
        else Ok (true, set_file id f w).

(** ** The least active files *)

Definition key (w : world) (id : nat) : Z := match w_files w !! id with Some f => m_last_touched f | None => 0 end.

Lemma touched_eq w id : is_Some (w_files w !! id) -> touched w id = Ok (key w id).
Proof. intros [f Hf]. unfold touched, get_file, key. by rewrite Hf. Qed.

Lemma swap_middle (pre post : list nat) y x : swap (S (length pre)) (length pre) (pre ++ y :: x :: post) = pre ++ x :: y :: post.
Proof.
  unfold swap. rewrite (lookup_app_r pre _ (S (length pre))), (lookup_app_r pre _ (length pre)) by lia.
  rewrite Nat.sub_diag. replace (S (length pre) - length pre)%nat with 1%nat by lia. cbn.
  rewrite (insert_app_r_alt pre _ (S (length pre))), insert_app_r_alt by lia.
  rewrite Nat.sub_diag. replace (S (length pre) - length pre)%nat with 1%nat by lia. done.
Qed.

(** The element after [pre] moves to the left past the larger ones. *)
Lemma sift_ok w pre : forall x post, (forall id, id ∈ pre ++ [x] -> is_Some (w_files w !! id)) -> StronglySorted (key_le (key w)) pre ->
  exists pre1 pre2, sift w (length pre) (pre ++ x :: post) = Ok (pre1 ++ x :: pre2 ++ post) /\ pre = pre1 ++ pre2 /\
    Forall (fun y => key w y <= key w x) pre1 /\ Forall (fun y => key w x < key w y) pre2.
Proof.
  induction pre as [|y pre IH] using rev_ind; intros x post Hin Hs.
  - exists [], []. done.
  - rewrite length_app, Nat.add_1_r, <- app_assoc. cbn [app sift].
    assert (H1 : (pre ++ y :: x :: post) !! S (length pre) = Some x).
    { rewrite lookup_app_r by lia. by replace (S (length pre) - length pre)%nat with 1%nat by lia. }
    assert (H2 : (pre ++ y :: x :: post) !! length pre = Some y) by (by rewrite lookup_app_r, Nat.sub_diag by lia).
    rewrite H1, H2. cbn [of_deref mbind res_bind]. rewrite !touched_eq by (apply Hin; rewrite !elem_of_app, !list_elem_of_singleton; tauto). cbn [mbind res_bind].
    assert (Hall : Forall (fun z => key w z <= key w y) pre /\ StronglySorted (key_le (key w)) pre).
    { apply StronglySorted_app in Hs as (Hc & Hs & _). split; [|done]. apply Forall_forall. intros z Hz. by apply Hc; [|left]. }
    destruct Hall as [Hall Hs']. destruct (key w y <=? key w x) eqn:E; bool_prop.
    + exists (pre ++ [y]), []. cbn. rewrite <- !app_assoc, app_nil_r. cbn. split_and!; [done|done| |done].
      apply Forall_app. split; [eapply Forall_impl; [exact Hall|]; cbn; lia|by repeat constructor].
    + rewrite swap_middle. destruct (IH x (y :: post)) as (p1 & p2 & -> & -> & F1 & F2); [|done|].
      { intros id Hid. apply Hin. rewrite !elem_of_app in *. tauto. }
      exists p1, (p2 ++ [y]). rewrite <- !app_assoc. cbn. split_and!; [done|done|done|]. apply Forall_app. split; [done|by repeat constructor].
Qed.

Lemma sorted_between (k : nat -> Z) l1 x l2 : StronglySorted (key_le k) (l1 ++ l2) -> Forall (fun y => k y <= k x) l1 -> Forall (fun y => k x < k y) l2 ->
  StronglySorted (key_le k) (l1 ++ x :: l2).
Proof.
  intros (Hc & H1 & H2)%StronglySorted_app F1 F2. rewrite Forall_forall in F1, F2. apply StronglySorted_app. split_and!; [|done|].
  - intros a b Ha [->|Hb]%elem_of_cons; [by apply F1|by apply Hc].
  - constructor; [done|]. apply Forall_forall. intros y Hy. specialize (F2 y Hy). unfold key_le. lia.
Qed.

(** Of the files seen so far, those chosen are the least recently touched. *)
Record least (k : nat -> Z) (count : Z) (seen files : list nat) : Prop := {
  le_sorted : StronglySorted (key_le k) files;
  le_count : zlen files <= count;
  le_rest : exists rest, files ++ rest ≡ₚ seen /\ (forall a b, a ∈ files -> b ∈ rest -> k a <= k b) /\ (rest = [] \/ zlen files = count);
}.

Lemma least_push k count seen files p1 p2 x : least k count seen files -> zlen files <> count -> files = p1 ++ p2 ->
  Forall (fun y => k y <= k x) p1 -> Forall (fun y => k x < k y) p2 -> least k count (seen ++ [x]) (p1 ++ x :: p2).
Proof.
  intros [Hs Hc (rest & Hp & _ & Hr)] Hne -> F1 F2. destruct Hr as [->|Hr]; [|done]. rewrite app_nil_r in Hp.
  constructor; [by apply sorted_between| |].
  - unfold zlen in *. rewrite length_app in *. cbn. lia.
  - exists []. rewrite app_nil_r. split_and!; [|by intros ? ? _ ?%elem_of_nil|by left]. rewrite <- Hp, (Permutation_app_comm _ [x]). cbn. by rewrite <- Permutation_middle.
Qed.

Lemma least_replace k count seen pre b p1 p2 x : least k count seen (pre ++ [b]) -> zlen (pre ++ [b]) = count -> k x < k b -> pre = p1 ++ p2 ->
  Forall (fun y => k y <= k x) p1 -> Forall (fun y => k x < k y) p2 -> least k count (seen ++ [x]) (p1 ++ x :: p2).
Proof.
  intros [Hs Hc (rest & Hp & Hle & _)] Hlen Hlt -> F1 F2. apply StronglySorted_app in Hs as (Hb & Hs & _).
  assert (Hl : zlen (p1 ++ x :: p2) = count).
  { rewrite <- Hlen. unfold zlen. rewrite !length_app. cbn. rewrite Nat.add_1_r. lia. }
  constructor; [by apply sorted_between|lia|]. exists (b :: rest). split_and!; [| |by right].
  - rewrite <- Hp. solve_Permutation.
  - intros a c Ha Hc'. assert (Hab : k a <= k b).
    { rewrite elem_of_app, elem_of_cons in Ha. destruct Ha as [Ha|[->|Ha]]; [apply (Hb a b); [apply elem_of_app; by left|left]|lia|
        apply (Hb a b); [apply elem_of_app; by right|left]]. }
    apply elem_of_cons in Hc' as [->|Hc']; [done|]. etrans; [exact Hab|]. apply Hle; [apply elem_of_app; right; left|done].
Qed.

Lemma least_skip k count seen pre b x : least k count seen (pre ++ [b]) -> zlen (pre ++ [b]) = count -> k b <= k x -> least k count (seen ++ [x]) (pre ++ [b]).
Proof.
  intros [Hs Hc (rest & Hp & Hle & _)] Hlen Hge. constructor; [done|done|]. exists (rest ++ [x]). split_and!; [by rewrite app_assoc, Hp| |by right].
  intros a c Ha [Hc'|Hc'%list_elem_of_singleton]%elem_of_app; [by apply Hle|subst c]. etrans; [|exact Hge].
  apply StronglySorted_app in Hs as (Hb & _ & _). apply elem_of_app in Ha as [Ha|Ha%list_elem_of_singleton]; [apply (Hb a b Ha); left|by subst].
Qed.

Lemma length_snoc_pred {A} (l : list A) x : (length (l ++ [x]) - 1)%nat = length l.
Proof. rewrite length_app. cbn. lia. Qed.

Lemma insert_at_last {A} (l : list A) b x : <[(length (l ++ [b]) - 1)%nat := x]> (l ++ [b]) = l ++ [x].
Proof. rewrite length_snoc_pred. induction l as [|a l IH]; [done|]. cbn. f_equal. apply IH. Qed.

Lemma least_loop_ok w count l : 0 < count -> forall seen files, (forall id, id ∈ seen ++ l -> is_Some (w_files w !! id)) -> least (key w) count seen files ->
  exists files', least_loop w count l files = Ok files' /\ least (key w) count (seen ++ l) files'.
Proof.
  intros Hcount. induction l as [|x l IH]; intros seen files Hin Hl; cbn [least_loop]; [exists files; by rewrite app_nil_r|].
  assert (Hnext : forall id, id ∈ (seen ++ [x]) ++ l -> is_Some (w_files w !! id)) by (by rewrite <- app_assoc).
  replace (seen ++ x :: l) with ((seen ++ [x]) ++ l) by by rewrite <- app_assoc.
  assert (Hf : forall id, id ∈ files -> is_Some (w_files w !! id)).
  { intros id Hid. destruct (le_rest _ _ _ _ Hl) as (rest & Hp & _). apply Hin, elem_of_app. left. rewrite <- Hp. apply elem_of_app. by left. }
  assert (Hx : is_Some (w_files w !! x)) by (apply Hin, elem_of_app; right; left).
  destruct (zlen files =? count) eqn:E; bool_prop.
  - destruct files as [|b pre _] using rev_ind; [unfold zlen in E; cbn in E; lia|]. rewrite last_snoc. cbn [of_deref mbind res_bind].
    rewrite !touched_eq by (done || apply Hf, elem_of_app; right; left). cbn [mbind res_bind].
    destruct (key w b <=? key w x) eqn:Ek; bool_prop; [apply IH; [done|by apply least_skip]|].
    rewrite insert_at_last, length_snoc_pred.
    destruct (sift_ok w pre x []) as (p1 & p2 & -> & Hpre & F1 & F2).
    + intros id [Hid|Hid%list_elem_of_singleton]%elem_of_app; [apply Hf, elem_of_app; by left|by subst].
    + pose proof (le_sorted _ _ _ _ Hl) as Hs. by apply StronglySorted_app in Hs as (_ & Hs & _).
    + cbn [mbind res_bind]. rewrite app_nil_r. apply IH; [done|by eapply least_replace].
  - cbn [mbind res_bind]. rewrite length_snoc_pred.
    destruct (sift_ok w files x []) as (p1 & p2 & -> & Hpre & F1 & F2).
    + intros id [Hid|Hid%list_elem_of_singleton]%elem_of_app; [by apply Hf|by subst].
    + apply (le_sorted _ _ _ _ Hl).
    + cbn [mbind res_bind]. rewrite app_nil_r. apply IH; [done|by eapply least_push].
Qed.

Lemma get_least_active_ok count w : 0 <= count -> (forall id, id ∈ fm_open w -> is_Some (w_files w !! id)) ->
  exists files, get_least_active count w = Ok files /\ least (key w) count (fm_open w) files.
Proof.
  intros Hc Hin. assert (H0 : least (key w) count [] []).
  { constructor; [constructor|done|]. exists []. split_and!; [done|by intros ? ? ?%elem_of_nil|by left]. }
  unfold get_least_active. destruct (count =? 0) eqn:E; bool_prop.
  - exists []. split; [done|]. constructor; [constructor|done|]. exists (fm_open w). split_and!; [done|by intros ? ? ?%elem_of_nil|by right].
  - apply (least_loop_ok w count (fm_open w) ltac:(lia) [] []); [done|done].
Qed.

Lemma least_length k count seen files : least k count seen files -> zlen files = Z.min count (zlen seen).
Proof.
  intros [_ Hc (rest & Hp & _ & Hr)]. unfold zlen in *. rewrite <- Hp, length_app in *.
  destruct Hr as [->|Hr]; cbn; lia.
Qed.

(** ** What the manager keeps *)

(** The open files are those of the manager, once each; what is in the cache is
    there, once each. *)
Record manager_ok (w : world) : Prop := {
  mk_nodup : NoDup (fm_open w);
  mk_open id : id ∈ fm_open w <-> exists f, w_files w !! id = Some f /\ is_open f = true /\ is_padding f = false;
  mk_fd id f : w_files w !! id = Some f -> is_open f = true -> 0 <= m_fd f;
  mk_cache : Forall (fun p => exists f, w_files w !! p.1 = Some f /\ is_padding f = false) (m_least_active_cache w);
  mk_cache_nodup : NoDup (m_least_active_cache w).*1;
}.

(** Some files of [w] were closed, and nothing else happened to any. *)
Record closed_some (w w' : world) : Prop := {
  cs_files id : w_files w' !! id = w_files w !! id \/ exists f, w_files w !! id = Some f /\ w_files w' !! id = Some (set_open (-1) 0 f);
  cs_max : m_max_open_files w' = m_max_open_files w;
  cs_cache : m_least_active_cache w' `sublist_of` m_least_active_cache w;
}.

#[export] Instance closed_some_refl : Reflexive closed_some.
Proof. intros w. by constructor; [left|..]. Qed.

#[export] Instance closed_some_trans : Transitive closed_some.
Proof.
  intros a b c [F1 M1 C1] [F2 M2 C2]. constructor; [|congruence|by etrans]. intros id. destruct (F1 id) as [E1|(f & E1 & E1')], (F2 id) as [E2|(g & E2 & E2')].
  - left. congruence.
  - right. exists g. split; congruence.
  - right. exists f. split; congruence.
  - right. exists f. split; [done|]. assert (g = set_open (-1) 0 f) as -> by congruence. done.
Qed.

Lemma erase_stale_ok id w cache : Forall (fun p => exists f, w_files w !! p.1 = Some f /\ is_padding f = false) cache ->
  exists cache', erase_stale id w cache = Ok cache' /\ cache' `sublist_of` cache /\ id ∉ cache'.*1.
Proof.
  induction 1 as [|[other t] cache (f & Hf & _) _ (cache' & IH & Hsub & Hni)]; cbn [erase_stale]; [exists []; split_and!; [done|done|apply not_elem_of_nil]|].
  cbn in Hf. destruct (other =? id)%nat eqn:E; cbn [mbind res_bind].
  - rewrite IH. cbn [mbind res_bind]. exists cache'. split_and!; [done|by constructor|done].
  - unfold get_file. rewrite Hf. cbn [of_deref mbind res_bind]. rewrite IH. cbn [mbind res_bind]. apply Nat.eqb_neq in E.
    destruct (negb _); eexists; (split_and!; [reflexivity|by constructor|]); [done|]. cbn. apply not_elem_of_cons. by split.
Qed.

Lemma swap_out (l : list nat) itr id back : NoDup l -> l !! itr = Some id -> last l = Some back ->
  id :: take (length l - 1) (<[itr := back]> l) ≡ₚ l.
Proof.
  destruct l as [|b l _] using rev_ind; [done|]. rewrite last_snoc. intros Hd Hi [= ->]. rewrite length_snoc_pred.
  destruct (decide (itr = length l)) as [->|Hne].
  - rewrite lookup_app_r, Nat.sub_diag in Hi by done. injection Hi as ->. rewrite <- (length_snoc_pred l id) at 2. rewrite insert_at_last, take_app_length.
    solve_Permutation.
  - assert (Hlt : (itr < length l)%nat) by (apply lookup_lt_Some in Hi; rewrite length_app in Hi; cbn in Hi; lia).
    rewrite lookup_app_l in Hi by done. rewrite insert_app_l, take_app_le, take_ge by (rewrite ?length_insert; lia).
    rewrite (delete_Permutation l itr id Hi) at 2.
    rewrite (delete_Permutation (<[itr:=back]> l) itr back) by (by rewrite list_lookup_insert_eq).
    assert (delete itr (<[itr := back]> l) = delete itr l) as ->; [|solve_Permutation].
    clear -Hlt. revert l Hlt. induction itr as [|itr IH]; intros [|a l] Hlt; cbn in *; try lia; [done|]. f_equal. apply IH. lia.
Qed.

Lemma get_file_eq id w f : w_files w !! id = Some f -> get_file id w = Ok f.
Proof. intros Hf. unfold get_file. by rewrite Hf. Qed.

(** Closing keeps what the cache and the descriptors of the others need. *)
Lemma sublist_fmap {A B} (f : A -> B) l l' : l `sublist_of` l' -> f <$> l `sublist_of` f <$> l'.
Proof. induction 1; cbn; by constructor. Qed.

Lemma Forall_sub {A} (P : A -> Prop) l l' : l `sublist_of` l' -> Forall P l' -> Forall P l.
Proof. induction 1; intros HF; [done|apply Forall_cons in HF as [? ?]; constructor; eauto|apply Forall_cons in HF as [_ ?]; eauto]. Qed.

Lemma sublist_keys (c c' : list (nat * Z)) : c `sublist_of` c' -> NoDup c'.*1 -> NoDup c.*1.
Proof. intros Hs Hd. eapply sublist_NoDup; [exact Hd|by apply sublist_fmap]. Qed.

Lemma cache_valid_close id f w (c : list (nat * Z)) : w_files w !! id = Some f ->
  Forall (fun p => exists f, w_files w !! p.1 = Some f /\ is_padding f = false) c ->
  Forall (fun p => exists g, <[id := set_open (-1) 0 f]> (w_files w) !! p.1 = Some g /\ is_padding g = false) c.
Proof.
  intros Hf Hc. eapply Forall_impl; [exact Hc|]. intros [j t] (g & Hg & Hp). cbn in *. destruct (decide (id = j)) as [->|Hne].
  - exists (set_open (-1) 0 f). rewrite lookup_insert_eq. by assert (f = g) as -> by congruence.
  - exists g. by rewrite lookup_insert_ne.
Qed.

Lemma detach_ok id w : manager_ok w -> id ∈ fm_open w ->
  exists f w', w_files w !! id = Some f /\ detach id w = Ok (m_fd f, w') /\ 0 <= m_fd f /\ manager_ok w' /\ closed_some w w' /\
    id :: fm_open w' ≡ₚ fm_open w /\ w_closing w' = w_closing w /\ w_waits w' = w_waits w /\ w_files w' !! id = Some (set_open (-1) 0 f).
Proof.
  intros [Hd Ho Hfd Hc Hcd] Hin. destruct (proj1 (Ho id) Hin) as (f & Hf & Hopen & Hpad). exists f.
  unfold detach. rewrite (get_file_eq id w f Hf). cbn [mbind res_bind]. rewrite Hopen, Hpad. cbn [negb orb ub_when mbind res_bind].
  destruct (list_find _ (fm_open w)) as [[itr x]|] eqn:Ef; [|apply list_find_None in Ef; rewrite Forall_forall in Ef; by apply Ef in Hin].
  apply list_find_Some in Ef as (Hi & -> & _). unfold detach_at. rewrite Hi. cbn [of_deref mbind res_bind]. rewrite (get_file_eq id w f Hf). cbn [mbind res_bind].
  destruct (last (fm_open w)) as [back|] eqn:El; [|apply last_None in El; by rewrite El in Hi]. cbn [of_deref mbind res_bind].
  set (w1 := set_fm _ _). change (m_least_active_cache w1) with (m_least_active_cache w). pose proof (swap_out (fm_open w) itr id back Hd Hi El) as Hp.
  pose proof (cache_valid_close id f w _ Hf Hc) as Hc1.
  destruct (erase_stale_ok id w1 (m_least_active_cache w) Hc1) as (cache & -> & Hsub & Hni). cbn [mbind res_bind].
  assert (Hd1 : NoDup (id :: fm_open w1)) by (unfold w1; cbn; by rewrite Hp). apply NoDup_cons in Hd1 as [Hni1 Hd1].
  eexists. split_and!; [done|reflexivity|by apply (Hfd id)| | |exact Hp|done|done|cbn; apply lookup_insert_eq].
  - constructor; cbn [set_counters set_cache fm_open w_files m_least_active_cache]; [done| | | |].
    + intros j. unfold w1. cbn [set_fm fm_open w_files set_file set_files]. change (take _ _) with (fm_open w1). destruct (decide (id = j)) as [<-|Hne].
      * rewrite lookup_insert_eq. split; [done|]. intros (g & [= <-] & Hg & _). by cbn in Hg.
      * rewrite lookup_insert_ne by done. rewrite <- Ho, <- Hp, elem_of_cons. intuition congruence.
    + intros j g. unfold w1. cbn. intros Hj%lookup_insert_Some Hg. destruct Hj as [[_ <-]|[_ Hj]]; [by cbn in Hg|by eapply Hfd].
    + by eapply Forall_sub.
    + by eapply sublist_keys.
  - constructor; [|done|done]. intros j. cbn. destruct (decide (id = j)) as [<-|Hne]; [right; exists f; by rewrite lookup_insert_eq|left; by rewrite lookup_insert_ne].
Qed.

Lemma closed_some_exists w w' id : closed_some w w' -> is_Some (w_files w !! id) -> is_Some (w_files w' !! id).
Proof. intros Hc Hid. destruct (cs_files _ _ Hc id) as [->|(f & _ & ->)]; [done|by eexists]. Qed.

(** Exactly the files of the list that are open are closed. *)
Lemma close_loop_ok files : forall fds w, manager_ok w -> (forall id, id ∈ files -> is_Some (w_files w !! id)) ->
  exists fds' w', close_loop files fds w = Ok (fds', w') /\ manager_ok w' /\ closed_some w w' /\
    (forall id, id ∈ fm_open w' <-> id ∈ fm_open w /\ id ∉ files) /\ w_closing w' = w_closing w /\ w_waits w' = w_waits w.
Proof.
  induction files as [|id files IH]; intros fds w Hw Hin; cbn [close_loop].
  { exists fds, w. split_and!; [done|done|done| |done|done]. intros j. split; [intros; split; [done|apply not_elem_of_nil]|by intros []]. }
  destruct (Hin id ltac:(left)) as (f & Hf). rewrite (get_file_eq id w f Hf). cbn [mbind res_bind].
  destruct (negb (is_open f) || is_padding f) eqn:E.
  - destruct (IH fds w Hw) as (fds' & w' & -> & H1 & H2 & H3 & H4 & H5); [intros j Hj; apply Hin; by right|].
    exists fds', w'. split_and!; [done|done|done| |done|done]. intros j. rewrite H3, not_elem_of_cons. split; [|tauto]. intros [Hj Hnj]. split_and!; [done| |done].
    intros ->. apply (mk_open _ Hw) in Hj as (g & Hg & Ho & Hp). assert (g = f) as -> by congruence. by rewrite Ho, Hp in E.
  - apply orb_false_iff in E as [E1 E2]. apply negb_false_iff in E1.
    destruct (detach_ok id w Hw) as (g & w1 & Hg & -> & _ & Hw1 & Hc1 & Hp1 & D1 & D2 & _); [apply (mk_open _ Hw); by exists f|]. cbn [mbind res_bind].
    destruct (IH (fds ++ [m_fd g]) w1 Hw1) as (fds' & w' & -> & H1 & H2 & H3 & H4 & H5).
    { intros j Hj. apply (closed_some_exists w w1); [done|]. apply Hin. by right. }
    exists fds', w'. split_and!; [done|done|by etrans| |congruence|congruence]. pose proof (mk_nodup _ Hw) as Hd. rewrite <- Hp1 in Hd. apply NoDup_cons in Hd as [Hni _].
    intros j. rewrite H3, <- Hp1, elem_of_cons, not_elem_of_cons. split; [|tauto]. intros [Hj Hnj]. split_and!; [by right| |done]. by intros ->.
Qed.

Lemma manager_ok_fields w w' : manager_ok w -> w_files w' = w_files w -> fm_open w' = fm_open w -> m_least_active_cache w' `sublist_of` m_least_active_cache w -> manager_ok w'.
Proof.
  intros [A B C D E] Hf Ho Hc. constructor; rewrite ?Hf, ?Ho; [done|done|done|by eapply Forall_sub|by eapply sublist_keys].
Qed.

Lemma close_files_ok files w : manager_ok w -> (forall id, id ∈ files -> is_Some (w_files w !! id)) ->
  exists w', close_files files w = Ok w' /\ manager_ok w' /\ closed_some w w' /\ (forall id, id ∈ fm_open w' <-> id ∈ fm_open w /\ id ∉ files).
Proof.
  intros Hw Hin. unfold close_files. destruct (close_loop_ok files [] w Hw Hin) as (fds & w1 & -> & H1 & H2 & H3 & _). cbn [mbind res_bind].
  eexists. split_and!; [reflexivity|by apply (manager_ok_fields w1)| |done]. etrans; [exact H2|]. by constructor; [left|..].
Qed.

(** Files that are open and all different leave that much room. *)
Lemma closed_count w w' files : manager_ok w -> manager_ok w' -> NoDup files -> (forall id, id ∈ files -> id ∈ fm_open w) ->
  (forall id, id ∈ fm_open w' <-> id ∈ fm_open w /\ id ∉ files) -> open_files w' = open_files w - zlen files.
Proof.
  intros Hw Hw' Hd Hin Hiff. assert (Hp : files ++ fm_open w' ≡ₚ fm_open w).
  { apply NoDup_Permutation; [|apply (mk_nodup _ Hw)|].
    - apply NoDup_app. split_and!; [done| |apply (mk_nodup _ Hw')]. intros j Hj Hj'. by apply Hiff in Hj' as [_ ?].
    - intros j. rewrite elem_of_app, Hiff. split; [intros [?|[]]; by auto|]. intros Hj. destruct (decide (j ∈ files)); tauto. }
  unfold open_files, zlen. rewrite <- Hp, length_app. lia.
Qed.

(** ** Making room *)

Lemma cache_loop_ok w cache : Forall (fun p => exists f, w_files w !! p.1 = Some f /\ is_padding f = false) cache -> NoDup cache.*1 ->
  manager_ok w -> forall count idx files, 0 <= count < 2 ^ 32 ->
  exists count' idx' files', cache_loop w count cache idx files = Ok (count', (idx + idx')%nat, files ++ files') /\ (idx' <= length cache)%nat /\
    0 <= count' /\ count' = count - zlen files' /\ NoDup files' /\ (forall id, id ∈ files' -> id ∈ fm_open w /\ id ∈ (take idx' cache).*1).
Proof.
  intros Hc Hd Hw. induction Hc as [|[id t] cache (f & Hf & Hp) Hc IH]; intros count idx files Hcount; cbn [cache_loop].
  { exists count, 0%nat, []. rewrite app_nil_r, Nat.add_0_r. split_and!; [done|done|lia|unfold zlen; cbn; lia|constructor|by intros id ?%elem_of_nil]. }
  cbn in Hf, Hd. apply NoDup_cons in Hd as [Hni Hd]. specialize (IH Hd). destruct (count =? 0) eqn:E0; bool_prop.
  { exists count, 0%nat, []. rewrite app_nil_r, Nat.add_0_r. split_and!; [done|lia|lia|unfold zlen; cbn; lia|constructor|by intros j ?%elem_of_nil]. }
  rewrite (get_file_eq id w f Hf). cbn [mbind res_bind]. destruct (negb _ || negb _) eqn:E.
  - destruct (IH count (S idx) files Hcount) as (c & i & fs & -> & H1 & H2 & H3 & H4 & H5). exists c, (S i), fs. rewrite Nat.add_succ_r. split_and!; [done|cbn; lia|done|done|done|].
    intros j Hj. destruct (H5 j Hj). split; [done|]. cbn. by right.
  - rewrite Hp. cbn [ub_when mbind res_bind]. apply orb_false_iff in E as [_ E]. apply negb_false_iff in E. rewrite u32_small by lia.
    destruct (IH (count - 1) (S idx) (files ++ [id]) ltac:(lia)) as (c & i & fs & -> & H1 & H2 & H3 & H4 & H5).
    exists c, (S i), (id :: fs). rewrite Nat.add_succ_r, <- app_assoc. split_and!; [done|cbn; lia|done|unfold zlen in *; cbn; lia| |].
    + constructor; [|done]. intros Hid. apply H5 in Hid as [_ Hid]. apply Hni. eapply elem_of_submseteq; [exact Hid|]. apply sublist_submseteq, sublist_fmap, sublist_take.
    + intros j [->|Hj]%elem_of_cons; [split; [apply (mk_open _ Hw); by exists f|left]|]. destruct (H5 j Hj). split; [done|by right].
Qed.

Lemma evict_cache_ok count w : manager_ok w -> 0 <= count < 2 ^ 32 ->
  exists count' w', evict_least_active_from_cache count w = Ok (count', w') /\ manager_ok w' /\ closed_some w w' /\
    0 <= count' <= count /\ open_files w' = open_files w - (count - count').
Proof.
  intros Hw Hcount. unfold evict_least_active_from_cache.
  destruct (cache_loop_ok w _ (mk_cache _ Hw) (mk_cache_nodup _ Hw) Hw count 0 [] Hcount) as (c & i & fs & -> & H1 & H2 & H3 & H4 & H5). cbn [mbind res_bind app].
  set (w1 := set_cache _ w). assert (Hw1 : manager_ok w1) by (apply (manager_ok_fields w); [done|done|done|apply sublist_drop]).
  destruct (close_files_ok fs w1 Hw1) as (w' & -> & Hw' & Hc' & Hiff).
  { intros id Hid. destruct (H5 id Hid) as [Ho _]. apply (mk_open _ Hw) in Ho as (f & Hf & _). by exists f. }
  cbn [mbind res_bind]. exists c, w'. pose proof (zlen_nonneg fs). split_and!; [done|done| |lia|lia|].
  - etrans; [|exact Hc']. constructor; [by left|done|apply sublist_drop].
  - rewrite (closed_count w1 w' fs Hw1 Hw' H4); [change (open_files w1) with (open_files w); lia|intros id Hid; by apply H5|done].
Qed.

Lemma cache_of_ok w files : (forall id, id ∈ files -> is_Some (w_files w !! id)) -> exists cache, cache_of w files = Ok cache /\ cache.*1 = files.
Proof.
  induction files as [|id files IH]; intros Hin; cbn [cache_of]; [by exists []|]. rewrite touched_eq by (apply Hin; left). cbn [mbind res_bind].
  destruct IH as (c & -> & Hc); [intros j Hj; apply Hin; by right|]. cbn [mbind res_bind]. eexists. split; [reflexivity|]. cbn. by rewrite Hc.
Qed.

Lemma closed_padding w w' id f : closed_some w w' -> w_files w !! id = Some f -> is_padding f = false ->
  exists g, w_files w' !! id = Some g /\ is_padding g = false.
Proof.
  intros Hc Hf Hp. destruct (cs_files _ _ Hc id) as [E|(g & E & E')]; [exists f; split; [congruence|done]|]. exists (set_open (-1) 0 g). split; [done|].
  by assert (g = f) as -> by congruence.
Qed.

Lemma evict_ok count w : manager_ok w -> open_files w <= 65536 -> 0 <= m_max_open_files w <= 65536 -> 0 <= count <= open_files w ->
  exists w', evict_least_active count w = Ok w' /\ manager_ok w' /\ (exists c, closed_some w (set_cache c w')) /\ open_files w' <= open_files w - count.
Proof.
  intros Hw Hfew Hmax Hcount. unfold evict_least_active.
  destruct (evict_cache_ok count w Hw ltac:(lia)) as (c & w1 & -> & Hw1 & Hc1 & Hc & Hn1). cbn [mbind res_bind].
  destruct (c =? 0) eqn:E; bool_prop. { exists w1. split_and!; [done|done|exists (m_least_active_cache w1); by destruct w1|lia]. }
  rewrite (cs_max _ _ Hc1). set (k := m_max_open_files w / 16).
  assert (Hk : 0 <= k <= 65536) by (unfold k; split; [apply Z.div_pos; lia|]; apply Z.div_le_upper_bound; lia). rewrite u32_small by lia.
  assert (Hopen1 : forall id, id ∈ fm_open w1 -> is_Some (w_files w1 !! id)) by (intros id (f & Hf & _)%(mk_open _ Hw1); by exists f).
  destruct (get_least_active_ok (c + k) w1 ltac:(lia) Hopen1) as (files & -> & Hl). cbn [mbind res_bind].
  pose proof (least_length _ _ _ _ Hl) as Hlen. destruct Hl as [_ _ (rest & Hp & _)].
  assert (Hin : forall id, id ∈ files -> id ∈ fm_open w1) by (intros id Hid; rewrite <- Hp; apply elem_of_app; by left).
  assert (Hnd : NoDup files) by (pose proof (mk_nodup _ Hw1) as Hd; rewrite <- Hp in Hd; by apply NoDup_app in Hd as [? _]).
  destruct (cache_of_ok w1 (drop (Z.to_nat c) files)) as (cache & -> & Hkeys).
  { intros id Hid. apply Hopen1, Hin. eapply elem_of_submseteq; [exact Hid|]. apply sublist_submseteq, sublist_drop. }
  cbn [mbind res_bind]. set (w2 := set_cache [] w1). assert (Hw2 : manager_ok w2) by (apply (manager_ok_fields w1); [done|done|done|apply sublist_nil_l]).
  destruct (close_files_ok files w2 Hw2) as (w3 & -> & Hw3 & Hc3 & Hiff); [intros id Hid; by apply Hopen1, Hin|]. cbn [mbind res_bind].
  assert (Hn3 : open_files w3 = open_files w1 - zlen files) by (by apply (closed_count w2 w3 files)).
  assert (Hcl : closed_some w w3) by (etrans; [exact Hc1|]; etrans; [|exact Hc3]; constructor; [by left|done|apply sublist_nil_l]).
  eexists. split_and!; [reflexivity| |exists (m_least_active_cache w3); by destruct w3|].
  - destruct Hw3 as [A B C _ _]. constructor; [done|done|done| |].
    + apply Forall_forall. intros [id t] Hid. apply (list_elem_of_fmap_2 fst) in Hid. cbn [set_cache m_least_active_cache] in Hid. rewrite Hkeys in Hid.
      assert (Hid' : id ∈ files) by (eapply elem_of_submseteq; [exact Hid|]; apply sublist_submseteq, sublist_drop).
      apply Hin, (mk_open _ Hw1) in Hid' as (f & Hf & _ & Hpad). cbn. exact (closed_padding w2 w3 id f Hc3 Hf Hpad).
    + cbn. rewrite Hkeys. eapply sublist_NoDup; [exact Hnd|apply sublist_drop].
  - change (open_files (set_cache cache w3)) with (open_files w3). unfold open_files in *. lia.
Qed.

Record fm_ok (w : world) : Prop := {
  fo_manager : manager_ok w;
  fo_few : open_files w <= m_max_open_files w;
  fo_max : 4 <= m_max_open_files w <= 65536;
}.

(** Apart from the cache, some files were closed and no more. *)
Definition made_room (w w' : world) : Prop := exists c, closed_some w (set_cache c w').

Lemma closed_made_room w w' : closed_some w w' -> made_room w w'.
Proof. intros Hc. exists (m_least_active_cache w'). by destruct w'. Qed.

Lemma verify_ok env reserve w : manager_ok w -> open_files w <= 65536 -> 4 <= m_max_open_files w <= 65536 -> 0 <= reserve <= 4 ->
  exists w', verify_max_open_or_evict env reserve w = Ok w' /\ manager_ok w' /\ made_room w w' /\ m_max_open_files w' = m_max_open_files w /\
    open_files w' + reserve <= m_max_open_files w.
Proof.
  intros Hw Hfew Hmax Hr. unfold verify_max_open_or_evict. rewrite (proj2 (Z.ltb_ge (m_max_open_files w) reserve)) by lia. cbn [throw_when mbind res_bind].
  assert (exists w1, (if m_max_open_files w <? open_files w + reserve then
      w1 ← evict_least_active (u32 (open_files w + reserve - m_max_open_files w)) w;
      _ ← throw_when (m_max_open_files w1 <? open_files w1 + reserve) internal_error; Ok w1 else Ok w) = Ok w1 /\
    manager_ok w1 /\ made_room w w1 /\ m_max_open_files w1 = m_max_open_files w /\ open_files w1 + reserve <= m_max_open_files w) as (w1 & -> & Hw1 & Hr1 & Hm1 & Hn1).
  { destruct (_ <? _) eqn:E; bool_prop; [|exists w; split_and!; [done|done|by apply closed_made_room|done|done]].
    destruct (evict_ok (u32 (open_files w + reserve - m_max_open_files w)) w Hw Hfew ltac:(lia)) as (w1 & -> & Hw1 & (c & Hc1) & Hn1); [rewrite u32_small; lia|].
    rewrite u32_small in Hn1 by lia. pose proof (cs_max _ _ Hc1) as Hm1. cbn in Hm1. cbn [mbind res_bind].
    rewrite Hm1, (proj2 (Z.ltb_ge _ _)) by lia. cbn [throw_when mbind res_bind]. exists w1. split_and!; [done|done|by exists c|done|lia]. }
  cbn [mbind res_bind]. rewrite Hm1. destruct (_ <? open_files w1 + reserve + _).
  - change (open_files (add_wait _ w1)) with (open_files w1). change (m_max_open_files (add_wait _ w1)) with (m_max_open_files w1). rewrite Hm1.
    rewrite (proj2 (Z.ltb_ge _ _)) by lia. cbn [throw_when mbind res_bind]. eexists. split_and!; [reflexivity|by apply (manager_ok_fields w1)| |done|done].
    destruct Hr1 as (c & [A B C]). exists c. by constructor.
  - rewrite Hm1, (proj2 (Z.ltb_ge _ _)) by lia. cbn [throw_when mbind res_bind]. exists w1. by split_and!.
Qed.

Lemma files_set_max_ok env s w : fm_ok w -> 4 <= s <= 65536 -> exists w', set_max_open_files env s w = Ok w' /\ fm_ok w' /\ m_max_open_files w' = s.
Proof.
  intros [Hw Hf Hm] Hs. unfold set_max_open_files. rewrite (proj2 (Z.ltb_ge s 4)), (proj2 (Z.ltb_ge 65536 s)) by lia. cbn [orb throw_when mbind res_bind].
  destruct (verify_ok env 0 (set_max s w)) as (w' & -> & H1 & _ & H3 & H4); [by apply (manager_ok_fields w)|change (open_files w <= 65536); lia|cbn; lia|lia|].
  cbn [m_max_open_files set_max] in *. exists w'. split_and!; [done| |done]. constructor; [done|lia|lia].
Qed.

Lemma close_ok id w : fm_ok w -> id ∈ fm_open w ->
  exists w', close id w = Ok w' /\ manager_ok w' /\ closed_some w w' /\ open_files w' = open_files w - 1 /\ (id ∉ fm_open w').
Proof.
  intros [Hw Hf Hm] Hid. unfold close. destruct (detach_ok id w Hw Hid) as (f & w1 & _ & -> & Hfd & Hw1 & Hc1 & Hp1 & _). cbn [mbind res_bind].
  unfold close_fd. rewrite (proj2 (Z.ltb_ge _ _)) by lia. cbn [throw_when mbind res_bind]. eexists. split; [reflexivity|]. split_and!.
  - by apply (manager_ok_fields w1).
  - etrans; [exact Hc1|]. by constructor; [left|..].
  - unfold open_files, zlen. cbn. rewrite <- Hp1. cbn. lia.
  - cbn. pose proof (mk_nodup _ Hw) as Hd. rewrite <- Hp1 in Hd. by apply NoDup_cons in Hd as [? _].
Qed.

(** ** Opening a file *)

(** Descriptors are not negative. *)
Definition opens_valid (env : environment) : Prop := forall path flags fd, env_open env path flags = Some fd -> 0 <= fd.

Lemma set_open_twice a b c d f : set_open a b (set_open c d f) = set_open a b f.
Proof. done. Qed.

Lemma made_room_file w w' id f : made_room w w' -> w_files w !! id = Some f -> is_open f = false ->
  exists f', w_files w' !! id = Some f' /\ set_open (-1) 0 f' = set_open (-1) 0 f /\ is_open f' = false.
Proof.
  intros (c & Hc) Hf Ho. destruct (cs_files _ _ Hc id) as [E|(g & E & E')]; cbn in *; [exists f; split_and!; congruence|].
  assert (g = f) as -> by congruence. by exists (set_open (-1) 0 f).
Qed.

Lemma add_open_ok w id f fd prot : manager_ok w -> w_files w !! id = Some f -> is_open f = false -> is_padding f = false -> 0 <= fd -> forall w',
  w_files w' = <[id := set_open fd prot f]> (w_files w) -> fm_open w' = fm_open w ++ [id] -> m_least_active_cache w' = m_least_active_cache w -> manager_ok w'.
Proof.
  intros [A B C D E] Hf Ho Hp Hfd w' Hw' Hfm Hc. assert (Hni : id ∉ fm_open w) by (intros (g & Hg & Hg' & _)%B; congruence).
  assert (Hopen : is_open (set_open fd prot f) = true) by (unfold is_open; cbn; apply negb_true_iff, Z.eqb_neq; lia).
  constructor; rewrite ?Hw', ?Hfm, ?Hc; [| | | |done].
  - apply NoDup_app. split_and!; [done| |apply NoDup_singleton]. intros x Hx Hx2%list_elem_of_singleton. by subst.
  - intros j. rewrite elem_of_app, list_elem_of_singleton, B. destruct (decide (id = j)) as [<-|Hne].
    + rewrite lookup_insert_eq. split; [intros _; by eexists|by right].
    + rewrite lookup_insert_ne by done. intuition congruence.
  - intros j g [[_ <-]|[_ Hj]]%lookup_insert_Some Hg; [done|by eapply C].
  - eapply Forall_impl; [exact D|]. intros [j t] (g & Hg & Hpg). cbn in *. destruct (decide (id = j)) as [<-|Hne].
    + exists (set_open fd prot f). by rewrite lookup_insert_eq.
    + exists g. by rewrite lookup_insert_ne.
Qed.

(** The flags that a protection is opened with. *)
Definition open_flags (prot flags : Z) : Z := Z.lor flags (if prot =? 3 then O_RDWR else if prot =? 1 then O_RDONLY else O_WRONLY).

Lemma socket_open_eq env path prot flags : 0 < prot < 4 -> socket_open env path prot flags = Ok (env_open env path (open_flags prot flags)).
Proof. intros Hp. assert (prot = 1 \/ prot = 2 \/ prot = 3) as [E|[E|E]] by lia; by rewrite E. Qed.

Lemma open_ok env id prot flags w f : opens_valid env -> fm_ok w -> w_files w !! id = Some f -> is_padding f = false -> (0 < prot < 4) ->
  exists b w', open env id prot flags w = Ok (b, w') /\ fm_ok w' /\ m_max_open_files w' = m_max_open_files w /\
    exists g, w_files w' !! id = Some g /\ set_open (-1) 0 g = set_open (-1) 0 f /\ is_open g = b /\ (b = true -> m_protection g = prot).
Proof.
  intros Henv Hw Hf Hp Hprot. pose proof Hw as [Hm Hfew Hmax]. unfold open. rewrite (get_file_eq id w f Hf). cbn [mbind res_bind]. rewrite Hp.
  assert (exists w1 f1, (if is_open f then close id w else Ok w) = Ok w1 /\ manager_ok w1 /\ open_files w1 <= open_files w /\ m_max_open_files w1 = m_max_open_files w /\
    w_files w1 !! id = Some f1 /\ set_open (-1) 0 f1 = set_open (-1) 0 f /\ is_open f1 = false) as (w1 & f1 & -> & Hm1 & Hn1 & Hx1 & Hf1 & E1 & Ho1).
  { destruct (is_open f) eqn:Ho; [|by exists w, f].
    destruct (close_ok id w Hw) as (w1 & -> & A & B & C & D); [apply (mk_open _ Hm); by exists f|]. exists w1.
    destruct (cs_files _ _ B id) as [E|(g & E & E')].
    - exfalso. apply D, (mk_open _ A). exists f. by rewrite E.
    - assert (g = f) as -> by congruence. exists (set_open (-1) 0 f). split_and!; [done|done|lia|apply (cs_max _ _ B)|done|done|done]. }
  cbn [mbind res_bind]. destruct (verify_ok env 1 w1 Hm1) as (w2 & -> & Hm2 & Hr2 & Hx2 & Hn2); [lia|lia|lia|]. cbn [mbind res_bind].
  destruct (made_room_file w1 w2 id f1 Hr2 Hf1 Ho1) as (f2 & Hf2 & E2 & Ho2). rewrite (get_file_eq id w2 f2 Hf2). cbn [mbind res_bind].
  rewrite socket_open_eq by done. cbn [mbind res_bind]. destruct (env_open env _ _) as [fd|] eqn:Efd.
  - apply Henv in Efd. eexists true, _. split; [reflexivity|]. assert (Hp2 : is_padding f2 = false).
    { apply (f_equal is_padding) in E1, E2. change (is_padding f2 = is_padding f1) in E2. change (is_padding f1 = is_padding f) in E1. congruence. }
    split_and!; [|cbn; congruence|].
    + constructor; [by eapply (add_open_ok w2 id f2 fd prot)| |cbn; lia]. unfold open_files, zlen in *. cbn. rewrite length_app. cbn. lia.
    + exists (set_open fd prot f2). cbn. rewrite lookup_insert_eq. split_and!; [done|rewrite set_open_twice; congruence| |done].
      unfold is_open. cbn. apply negb_true_iff, Z.eqb_neq. lia.
  - eexists false, _. split; [reflexivity|]. split_and!; [|cbn; congruence|exists f2; split_and!; [done|congruence|done|done]].
    constructor; [by apply (manager_ok_fields w2)|change (open_files w2 <= m_max_open_files w2); lia|cbn; lia].
Qed.

Lemma set_file_ok w id f f' : fm_ok w -> w_files w !! id = Some f -> is_padding f' = is_padding f -> m_fd f' = m_fd f -> fm_ok (set_file id f' w).
Proof.
  intros [[A B C D E] Hfew Hmax] Hf Hp Hfd. assert (Ho : is_open f' = is_open f) by (unfold is_open; by rewrite Hfd).
  constructor; [|done|done]. constructor; cbn [set_file set_files w_files fm_open m_least_active_cache]; [done| | | |done].
  - intros j. rewrite B. destruct (decide (id = j)) as [<-|Hne]; [|by rewrite lookup_insert_ne]. rewrite lookup_insert_eq, Hf.
    split; intros (g & [= <-] & H1 & H2); eexists; (split_and!; [reflexivity|congruence|congruence]).
  - intros j g [[<- <-]|[_ Hj]]%lookup_insert_Some Hg; [rewrite Hfd; apply (C id f Hf); congruence|by eapply C].
  - eapply Forall_impl; [exact D|]. intros [j t] (g & Hg & Hpg). cbn in *. destruct (decide (id = j)) as [<-|Hne].
    + exists f'. rewrite lookup_insert_eq. split; [done|]. rewrite Hp. by assert (g = f) as <- by congruence.
    + exists g. by rewrite lookup_insert_ne.
Qed.

Lemma padding_or m f : Z.land m flag_attr_padding = 0 -> is_padding (set_flags_protected m f) = is_padding f.
Proof. intros Hm. unfold is_padding, has_flags. cbn. by rewrite Z.land_lor_distr_l, Hm, Z.lor_0_r. Qed.
Lemma padding_and m f : Z.land (Z.lnot m) flag_attr_padding = flag_attr_padding -> is_padding (unset_flags_protected m f) = is_padding f.
Proof. intros Hm. unfold is_padding, has_flags. cbn. by rewrite <- Z.land_assoc, Hm. Qed.

Lemma permissions_self prot f : m_protection f = prot -> has_permissions prot f = true.
Proof. intros <-. unfold has_permissions. by rewrite Z.land_lnot_diag. Qed.

(** What is left of a file whatever [prepare] does: its place and its path. *)
Definition same_place (f g : File) : Prop :=
  m_path g = m_path f /\ m_frozen_path g = m_frozen_path f /\ m_offset g = m_offset f /\ m_size g = m_size f /\ m_range g = m_range f /\
  m_completed g = m_completed f /\ m_priority g = m_priority f /\ is_padding g = is_padding f /\
  m_match_depth_prev g = m_match_depth_prev f /\ m_match_depth_next g = m_match_depth_next f.

#[export] Instance same_place_trans : Transitive same_place.
Proof.
  intros a b c (A1 & A2 & A3 & A4 & A5 & A6 & A7 & A8 & A9 & A10) (B1 & B2 & B3 & B4 & B5 & B6 & B7 & B8 & B9 & B10).
  unfold same_place. split_and!; congruence.
Qed.

Lemma same_place_open f g : set_open (-1) 0 g = set_open (-1) 0 f -> same_place f g.
Proof. intros E. destruct f, g. unfold set_open in E. cbn in E. injection E as -> -> -> -> -> -> -> -> -> -> ->. done. Qed.

Lemma prepare_ok env id prot w f : opens_valid env -> fm_ok w -> w_files w !! id = Some f -> 0 < prot < 4 ->
  exists b w' g, prepare env id prot 0 w = Ok (b, w') /\ fm_ok w' /\ m_max_open_files w' = m_max_open_files w /\ w_files w' !! id = Some g /\ same_place f g /\
    (is_padding f = true \/ m_last_touched g = env_now env /\ (b = true -> is_open g = true /\ has_permissions prot g = true)).
Proof.
  intros Henv Hw Hf Hprot. unfold prepare. rewrite (get_file_eq id w f Hf). cbn [mbind res_bind]. destruct (is_padding f) eqn:Hpad.
  { exists true, w, f. split_and!; try done. by left. }
  set (f1 := set_last_touched (env_now env) f). assert (Hw1 : fm_ok (set_file id f1 w)) by (by apply (set_file_ok w id f)).
  assert (Hf1 : w_files (set_file id f1 w) !! id = Some f1) by (cbn; apply lookup_insert_eq).
  destruct (is_open f1 && has_permissions prot f1) eqn:E.
  { apply andb_true_iff in E as [E1 E2]. exists true, (set_file id f1 w), f1. split_and!; try done. right. by split. }
  set (flags := if has_flags flag_create_queued f1 then _ else _).
  destruct (open_ok env id prot flags (set_file id f1 w) f1 Henv Hw1 Hf1 Hpad Hprot) as (b & w2 & -> & Hw2 & Hm2 & (g & Hg & Eg & Hog & Hpg)). cbn [mbind res_bind].
  pose proof (same_place_open f1 g Eg) as Hsame. assert (Htouch : m_last_touched g = env_now env) by (by apply (f_equal m_last_touched) in Eg).
  destruct b; cbn [negb].
  - rewrite (get_file_eq id w2 g Hg). cbn [mbind res_bind]. set (g1 := unset_flags_protected _ _).
    assert (Hp1 : is_padding g1 = is_padding g) by (unfold g1; rewrite padding_and, padding_or by done; done).
    assert (Hok : forall b g2, m_fd g2 = m_fd g -> is_padding g2 = is_padding g -> m_protection g2 = m_protection g -> m_last_touched g2 = m_last_touched g -> same_place g g2 ->
      exists b' w' g', Ok (b, set_file id g2 w2) = Ok (b', w') /\ fm_ok w' /\ m_max_open_files w' = m_max_open_files w /\ w_files w' !! id = Some g' /\ same_place f g' /\
        (false = true \/ m_last_touched g' = env_now env /\ (b' = true -> is_open g' = true /\ has_permissions prot g' = true))).
    { intros b g2 H1 H2 H3 H4 H5. exists b, (set_file id g2 w2), g2. split_and!; [done|by apply (set_file_ok w2 id g)|exact Hm2|cbn; apply lookup_insert_eq| |].
      - etrans; [exact Hsame|done].
      - right. split; [congruence|]. intros _. split; [unfold is_open in *; by rewrite H1|apply permissions_self; rewrite H3; by apply Hpg]. }
    destruct (has_flags flag_resize_queued g1 && has_permissions prot_write g1).
    + apply Hok; try done; [rewrite padding_and by done; done|unfold same_place; rewrite padding_and by done; by rewrite Hp1].
    + apply Hok; try done.
  - exists false, w2, g. split_and!; try done. right. by split.
Qed.

(** *** All the files *)

(** Every file stays where it is in the torrent. *)
Definition places_kept (w w' : world) : Prop := forall j f, w_files w !! j = Some f -> exists g, w_files w' !! j = Some g /\ same_place f g.

#[export] Instance places_kept_refl : Reflexive places_kept.
Proof. intros w j f Hf. exists f. split; [done|]. by apply same_place_open. Qed.
#[export] Instance places_kept_trans : Transitive places_kept.
Proof. intros u v w H1 H2 j f Hf. destruct (H1 j f Hf) as (g & Hg & S1). destruct (H2 j g Hg) as (h & Hh & S2). exists h. split; [done|]. by etrans. Qed.

Lemma places_kept_files w w' : w_files w' = w_files w -> places_kept w w'.
Proof. intros E j f Hf. exists f. rewrite E. split; [done|]. by apply same_place_open. Qed.

Lemma places_kept_set w id f g : w_files w !! id = Some f -> same_place f g -> places_kept w (set_file id g w).
Proof.
  intros Hf Hs j h Hj. cbn. destruct (decide (id = j)) as [<-|Hne]; [|rewrite lookup_insert_ne by done; exists h; split; [done|]; by apply same_place_open].
  rewrite lookup_insert_eq. exists g. split; [done|]. congruence.
Qed.

Lemma places_kept_closed w w' : made_room w w' -> places_kept w w'.
Proof.
  intros (c & Hc) j f Hf. destruct (cs_files _ _ Hc j) as [E|(g & E & E')]; cbn in *.
  - exists f. split; [congruence|]. by apply same_place_open.
  - assert (g = f) as -> by congruence. exists (set_open (-1) 0 f). split; [done|]. by apply same_place_open.
Qed.

Lemma open_places env id prot flags w b w' : fm_ok w -> 0 < prot < 4 -> open env id prot flags w = Ok (b, w') ->
  places_kept w w' /\ ((forall path flags, is_Some (env_open env path flags)) -> b = true).
Proof.
  intros Hw Hprot. pose proof Hw as [Hm Hfew Hmax]. unfold open. destruct (get_file id w) as [f| |] eqn:Hf; cbn [mbind res_bind]; [|done|done].
  assert (Hf' : w_files w !! id = Some f) by (unfold get_file, of_deref in Hf; destruct (w_files w !! id); congruence).
  destruct (is_padding f) eqn:Hp; [intros [= <- <-]; done|].
  assert (exists w1, (if is_open f then close id w else Ok w) = Ok w1 /\ manager_ok w1 /\ open_files w1 <= open_files w /\ m_max_open_files w1 = m_max_open_files w /\ places_kept w w1)
    as (w1 & -> & Hm1 & Hn1 & Hx1 & Hk1).
  { destruct (is_open f) eqn:Ho; [|by exists w]. destruct (close_ok id w Hw) as (w1 & -> & A & B & C & D); [apply (mk_open _ Hm); by exists f|]. exists w1.
    split_and!; [done|done|lia|apply (cs_max _ _ B)|by apply places_kept_closed, closed_made_room]. }
  cbn [mbind res_bind]. destruct (verify_ok env 1 w1 Hm1) as (w2 & -> & Hm2 & Hr2 & Hx2 & Hn2); [lia|lia|lia|]. cbn [mbind res_bind].
  assert (Hk2 : places_kept w w2) by (etrans; [exact Hk1|by apply places_kept_closed]).
  destruct (Hk2 id f Hf') as (f2 & Hf2 & Hs2). rewrite (get_file_eq id w2 f2 Hf2). cbn [mbind res_bind].
  rewrite socket_open_eq by done. cbn [mbind res_bind]. destruct (env_open env _ _) as [fd|] eqn:Efd; intros [= <- <-].
  - split; [|done]. etrans; [exact Hk2|]. etrans; [by apply (places_kept_set w2 id f2 (set_open fd prot f2)); [|apply same_place_open]|]. by apply places_kept_files.
  - split; [|intros Hall; destruct (Hall (m_frozen_path f2) (open_flags prot flags)) as (fd & E); congruence]. etrans; [exact Hk2|]. by apply places_kept_files.
Qed.

(** What [resize_file] asks of the file system. *)
Definition storage_works (env : environment) : Prop :=
  (forall path flags, is_Some (env_open env path flags)) /\ (forall fd size, env_set_size env fd size = true) /\ (forall fd size, env_allocate env fd size = true).

Lemma prepare_places env id prot w b w' : opens_valid env -> fm_ok w -> 0 < prot < 4 -> prepare env id prot 0 w = Ok (b, w') ->
  places_kept w w' /\ (storage_works env -> b = true).
Proof.
  intros Henv Hw Hprot. unfold prepare. destruct (get_file id w) as [f| |] eqn:Hf; cbn [mbind res_bind]; [|done|done].
  assert (Hf' : w_files w !! id = Some f) by (unfold get_file, of_deref in Hf; destruct (w_files w !! id); congruence).
  destruct (is_padding f) eqn:Hpad; [intros [= <- <-]; done|]. set (f1 := set_last_touched (env_now env) f).
  assert (Hw1 : fm_ok (set_file id f1 w)) by (by apply (set_file_ok w id f)). assert (Hk1 : places_kept w (set_file id f1 w)) by (by apply (places_kept_set w id f)).
  destruct (is_open f1 && has_permissions prot f1); [intros [= <- <-]; done|].
  set (flags := if has_flags flag_create_queued f1 then _ else _).
  destruct (open_ok env id prot flags (set_file id f1 w) f1 Henv Hw1) as (opened & w2 & Eo & _ & _ & (g & Hg & Eg & Hog & _)); [cbn; apply lookup_insert_eq|done|done|].
  destruct (open_places _ _ _ _ _ _ _ Hw1 Hprot Eo) as [Hk2 Hd]. rewrite Eo. cbn [mbind res_bind].
  destruct opened; cbn [negb]; [|intros [= <- <-]; split; [by etrans|intros (Hall & _); by apply Hd]].
  rewrite (get_file_eq id w2 g Hg). cbn [mbind res_bind]. set (g1 := unset_flags_protected _ _).
  assert (Hp1 : is_padding g1 = is_padding g) by (unfold g1; rewrite padding_and, padding_or by done; done).
  assert (Hk : forall g2, same_place g g2 -> places_kept w (set_file id g2 w2)) by (intros g2 Hg2; etrans; [exact Hk1|]; etrans; [exact Hk2|by apply (places_kept_set w2 id g)]).
  destruct (has_flags flag_resize_queued g1 && has_permissions prot_write g1); intros [= <- <-]; (split; [|]).
  - apply Hk. unfold same_place. rewrite padding_and, Hp1 by done. done.
  - intros (_ & Hset & Hall). unfold resize_file. destruct (is_padding (unset_flags_protected _ g1)); [done|]. change (is_open (unset_flags_protected _ g1)) with (is_open g). rewrite Hog. cbn [negb].
    destruct (m_size _ =? env_size _ _); [done|]. rewrite Hset. cbn [negb]. destruct (has_flags flag_fallocate _ && _); [apply Hall|done].
  - apply Hk. unfold same_place. by rewrite Hp1.
  - done.
Qed.

(** ** The calls on files and their manager *)

Inductive file_call :=
  | CCreate (id : nat) (f : File)
  | CDestroy (id : nat)
  | CPrepare (id : nat) (prot : Z)
  | CClose (id : nat)
  | CCloseFiles (ids : list nat)
  | CSetMax (n : Z).

(** [~File] asserts that the file is closed. *)
Definition destroy (id : nat) (w : world) : res world :=
  f ← get_file id w;
  _ ← ub_when (negb (is_padding f || negb (is_open f)));
  Ok (set_files (delete id (w_files w)) w).

(** A value that is refused is the user's error: nothing has changed. *)
Definition or_refused (w : world) (r : res world) : res world := match r with Throw input_error => Ok w | _ => r end.

Definition perform (env : environment) (c : file_call) (w : world) : res world :=
  match c with
  | CCreate id f => Ok (set_file id f w)
  | CDestroy id => destroy id w
  | CPrepare id prot => '(_, w) ← prepare env id prot 0 w; Ok w
  | CClose id => close id w
  | CCloseFiles ids => close_files ids w
  | CSetMax n => or_refused w (set_max_open_files env n w)
  end.

(** What a caller has to respect: a file is closed when it is destroyed, and
    calls are made on files that exist. *)
Definition allowed (c : file_call) (w : world) : Prop :=
  match c with
  | CCreate id f => w_files w !! id = None /\ m_fd f = -1
  | CDestroy id => exists f, w_files w !! id = Some f /\ is_open f = false
  | CPrepare id prot => is_Some (w_files w !! id) /\ 0 < prot < 4
  | CClose id => id ∈ fm_open w
  | CCloseFiles ids => forall id, id ∈ ids -> is_Some (w_files w !! id)
  | CSetMax n => 0 <= n
  end.

(** The call destroys a file that the cache of the manager still holds. *)
Definition orphans (c : file_call) (w : world) : Prop :=
  match c with CDestroy id => id ∈ (m_least_active_cache w).*1 | _ => False end.
#[export] Instance orphans_dec c w : Decision (orphans c w).
Proof. destruct c; cbn; apply _. Defined.

Lemma store_ok w m : fm_ok w -> (forall id f, m !! id = Some f -> is_open f = true -> w_files w !! id = Some f) ->
  (forall id, id ∈ fm_open w \/ id ∈ (m_least_active_cache w).*1 -> m !! id = w_files w !! id) -> fm_ok (set_files m w).
Proof.
  intros [[A B C D E] Hfew Hmax] H1 H2. constructor; [|done|done]. constructor; cbn [set_files w_files fm_open m_least_active_cache]; [done| | | |done].
  - intros id. split.
    + intros Hid. destruct (proj1 (B id) Hid) as (f & Hf & Ho & Hp). exists f. rewrite H2 by (by left). by split_and!.
    + intros (f & Hf & Ho & Hp). apply B. exists f. split_and!; [by apply H1|done|done].
  - intros id f Hf Ho. apply (C id f); [by apply H1|done].
  - apply Forall_forall. intros [id t] Hid. rewrite Forall_forall in D. destruct (D _ Hid) as (f & Hf & Hp). exists f. cbn in *.
    rewrite H2; [done|]. right. by apply (list_elem_of_fmap_2 fst) in Hid.
Qed.

Lemma fm_ok_closed w w' : fm_ok w -> manager_ok w' -> closed_some w w' -> open_files w' <= open_files w -> fm_ok w'.
Proof. intros [_ Hf Hm] Hw' Hc Hle. pose proof (cs_max _ _ Hc) as E. constructor; [done|lia|lia]. Qed.

Lemma files_perform_ok env c w : opens_valid env -> fm_ok w -> allowed c w -> ~ orphans c w -> exists w', perform env c w = Ok w' /\ fm_ok w'.
Proof.
  intros Henv Hw Ha Hni. destruct c; cbn [perform allowed orphans] in *.
  - destruct Ha as [Hn Hfd]. eexists. split; [reflexivity|]. apply store_ok; [done| |].
    + intros j g [[<- <-]|[_ Hj]]%lookup_insert_Some Ho; [unfold is_open in Ho; by rewrite Hfd in Ho|done].
    + intros j Hj. rewrite lookup_insert_ne; [done|]. intros <-. destruct (fo_manager _ Hw) as [A B C D E]. destruct Hj as [(f' & Hf' & _)%B|Hj]; [congruence|].
      apply list_elem_of_fmap_1 in Hj as ([j t] & -> & Hj). rewrite Forall_forall in D. destruct (D _ Hj) as (f' & Hf' & _). cbn in *. congruence.
  - destruct Ha as (f & Hf & Ho). unfold destroy. rewrite (get_file_eq id w f Hf). cbn [mbind res_bind]. rewrite Ho, orb_true_r. cbn [negb ub_when mbind res_bind].
    eexists. split; [reflexivity|]. apply store_ok; [done| |].
    + intros j g [_ Hj]%lookup_delete_Some _. done.
    + intros j Hj. rewrite lookup_delete_ne; [done|]. intros <-. destruct Hj as [Hj|Hj]; [|done]. apply (mk_open _ (fo_manager _ Hw)) in Hj as (g & Hg & Hog & _). congruence.
  - destruct Ha as [(f & Hf) Hp]. destruct (prepare_ok env id prot w f Henv Hw Hf Hp) as (b & w' & g & -> & Hok & _). by exists w'.
  - destruct (close_ok id w Hw Ha) as (w' & -> & H1 & H2 & H3 & _). exists w'. split; [done|]. apply (fm_ok_closed w); [done|done|done|lia].
  - destruct (close_files_ok ids w (fo_manager _ Hw) Ha) as (w' & -> & H1 & H2 & H3). exists w'. split; [done|]. apply (fm_ok_closed w); [done|done|done|].
    unfold open_files, zlen. apply inj_le, submseteq_length, NoDup_submseteq; [apply (mk_nodup _ H1)|]. intros j Hj. by apply H3 in Hj as [? _].
  - destruct (decide (4 <= n <= 65536)) as [Hn|Hn]; [destruct (files_set_max_ok env n w Hw Hn) as (w' & -> & Hok & _); by exists w'|].
    exists w. split; [|done]. unfold set_max_open_files. assert ((n <? 4) || (65536 <? n) = true) as ->; [|done].
    apply orb_true_iff. rewrite !Z.ltb_lt. lia.
Qed.

Fixpoint run (cs : list (environment * file_call)) (w : world) : res world :=
  match cs with [] => Ok w | (env, c) :: cs => w ← perform env c w; run cs w end.

Fixpoint all_allowed (cs : list (environment * file_call)) (w : world) : Prop :=
  match cs with
  | [] => True
  | (env, c) :: cs => opens_valid env /\ allowed c w /\ forall w', perform env c w = Ok w' -> all_allowed cs w'
  end.

Definition new_world (max : Z) : world := World ∅ [] max 0 0 0 [] [] [].

Lemma new_files_ok max : 4 <= max <= 65536 -> fm_ok (new_world max).
Proof.
  intros Hm. constructor; [|change (0 <= max); lia|done]. constructor; [constructor| |done|constructor|constructor].
  intros id. split; [by intros ?%elem_of_nil|]. by intros (f & Hf & _).
Qed.

Lemma files_run_ok cs : forall w, fm_ok w -> all_allowed cs w -> (exists w', run cs w = Ok w' /\ fm_ok w') \/
  exists cs1 env c cs2 w1, cs = cs1 ++ (env, c) :: cs2 /\ run cs1 w = Ok w1 /\ fm_ok w1 /\ orphans c w1.
Proof.
  induction cs as [|[env c] cs IH]; intros w Hw Ha; [left; by exists w|]. destruct Ha as (He & Hok & Hrest). cbn [run].
  destruct (decide (orphans c w)) as [Ho|Ho]; [right; by exists [], env, c, cs, w|].
  destruct (files_perform_ok env c w He Hw Hok Ho) as (w1 & E & Hw1). rewrite E. cbn [mbind res_bind].
  destruct (IH w1 Hw1 (Hrest w1 E)) as [?|(cs1 & env2 & c2 & cs2 & w2 & -> & E2 & H2 & H3)]; [by left|right].
  exists ((env, c) :: cs1), env2, c2, cs2, w2. cbn [run]. by rewrite E.
Qed.

(** ** Theorems *)

(** C23: With a limit that is valid at first, let files be created, prepared
    for reading or writing, closed and destroyed in any order, and the limit
    changed to whatever the user asks for (a value outside 4 to 65536 is
    refused and changes nothing).  Then every call returns without an
    exception, the manager knows exactly the files that are open and never has
    more of them open than its limit allows; unless one of the calls destroys
    a closed file that the cache of the manager still holds, up to which the
    same is true, and after which the manager may read a file that is gone. *)
Theorem open_files_within_limit max cs : 4 <= max <= 65536 -> all_allowed cs (new_world max) ->
  (exists w, run cs (new_world max) = Ok w /\ fm_ok w) \/
  exists cs1 env c cs2 w1, cs = cs1 ++ (env, c) :: cs2 /\ run cs1 (new_world max) = Ok w1 /\ fm_ok w1 /\ orphans c w1.
Proof. intros Hm. by apply files_run_ok, new_files_ok. Qed.

(** The files chosen to be closed are the least recently touched ones, as
    many as asked for or all there are, in the order in which they were touched,
    and no file that is left out was touched before one that was chosen. *)
Theorem least_active_first count w : 0 <= count -> manager_ok w ->
  exists files rest, get_least_active count w = Ok files /\ files ++ rest ≡ₚ fm_open w /\ zlen files = Z.min count (open_files w) /\
    StronglySorted (key_le (key w)) files /\ (forall a b, a ∈ files -> b ∈ rest -> key w a <= key w b).
Proof.
  intros Hc Hw. destruct (get_least_active_ok count w Hc) as (files & E & Hl); [intros id (f & Hf & _)%(mk_open _ Hw); by exists f|].
  pose proof (least_length _ _ _ _ Hl) as Hlen. destruct Hl as [Hs _ (rest & Hp & Hle & _)]. by exists files, rest.
Qed.

(** Preparing a file always returns, stays within the limit of open files,
    leaves the place of the file alone, and when it succeeds the file is a
    padding file or open with the permissions asked for. *)
Theorem prepare_opens env id prot w f : opens_valid env -> fm_ok w -> w_files w !! id = Some f -> 0 < prot < 4 ->
  exists b w' g, prepare env id prot 0 w = Ok (b, w') /\ fm_ok w' /\ w_files w' !! id = Some g /\ same_place f g /\
    (b = true -> is_padding g = true \/ is_open g = true /\ has_permissions prot g = true).
Proof.
  intros Henv Hw Hf Hp. destruct (prepare_ok env id prot w f Henv Hw Hf Hp) as (b & w' & g & E & H1 & _ & H3 & H4 & H5). exists b, w', g.
  split_and!; [done|done|done|done|]. intros Hb. destruct H5 as [H5|[_ H5]]; [left|right; by apply H5]. destruct H4 as (_ & _ & _ & _ & _ & _ & _ & -> & _). done.
Qed.

(** ** Witnesses and examples *)

(** A system where every file opens with the descriptor 3. *)
Definition plain_env (now remaining : Z) : environment := Env now remaining (fun _ _ => Some 3) (fun _ => 0) (fun _ _ => true) (fun _ _ => true).

Lemma plain_opens now remaining : opens_valid (plain_env now remaining).
Proof. intros path flags fd [= <-]. done. Qed.

Definition file_calls : list (environment * file_call) :=
  [(plain_env 1 0, CCreate 0 new_file); (plain_env 1 0, CCreate 1 (set_size_bytes 5 new_file)); (plain_env 1 0, CPrepare 0 1); (plain_env 2 0, CPrepare 1 3);
   (plain_env 3 0, CPrepare 0 3); (plain_env 3 0, CClose 1); (plain_env 3 0, CSetMax 8); (plain_env 3 0, CSetMax 3); (plain_env 3 0, CCloseFiles [0; 1]%nat); (plain_env 3 0, CDestroy 1)].

Ltac next_call := split; [apply plain_opens|]; split; [|let E := fresh in intros w' E; vm_compute in E; injection E as <-].

Lemma file_calls_allowed : all_allowed file_calls (new_world 4).
Proof.
  unfold file_calls. do 2 (next_call; [done|]). do 3 (next_call; [split; [eexists; vm_compute; reflexivity|lia]|]).
  next_call; [vm_compute; left|]. do 2 (next_call; [vm_compute; discriminate|]).
  next_call; [intros id [->|[->|?%elem_of_nil]%elem_of_cons]%elem_of_cons; [eexists; vm_compute; reflexivity..|done]|].
  next_call; [eexists; split; vm_compute; reflexivity|]. done.
Qed.

(** C23 at a sequence of every kind of call. *)
Lemma open_files_within_limit_witness : exists w, run file_calls (new_world 4) = Ok w /\ fm_ok w.
Proof.
  destruct (open_files_within_limit 4 file_calls ltac:(lia) file_calls_allowed) as [H|(cs1 & env & c & cs2 & w1 & Ec & Er & _ & Ho)]; [exact H|].
  exfalso. unfold file_calls in Ec.
  do 10 (destruct cs1 as [|x cs1];
    [injection Ec as <- <- <-; first [exact Ho|vm_compute in Er; injection Er as <-; apply (not_elem_of_nil 1%nat), Ho]|injection Ec as <- Ec]).
  destruct cs1; discriminate Ec.
Defined.

(** The files [0, n) open, the first one touched first. *)
Definition many (n : nat) (max : Z) : world :=
  World (list_to_map ((fun i => (i, set_last_touched (Z.of_nat i) (set_open 3 1 new_file))) <$> seq 0 n)) (seq 0 n) max 0 0 0 [] [] [].

Lemma many_files n max id f : w_files (many n max) !! id = Some f -> id ∈ seq 0 n /\ f = set_last_touched (Z.of_nat id) (set_open 3 1 new_file).
Proof. intros Hf%elem_of_list_to_map_2. apply list_elem_of_fmap_1 in Hf as (i & [= -> ->] & Hi). done. Qed.

Lemma many_ok : fm_ok (many 3 4).
Proof.
  constructor; [|vm_compute; discriminate|vm_compute; split; discriminate]. constructor; [apply NoDup_seq| | |constructor|constructor].
  - intros id. split.
    + intros Hid%elem_of_seq. destruct id as [|[|[|id]]]; [by eexists..|lia].
    + intros (f & Hf & _). by apply many_files in Hf as [? _].
  - intros id f Hf _. apply many_files in Hf as [_ ->]. done.
Qed.

(** C0 at three open files. *)
Lemma least_active_first_witness : exists files rest, get_least_active 2 (many 3 4) = Ok files /\ files ++ rest ≡ₚ [0; 1; 2]%nat /\ zlen files = 2.
Proof.
  destruct (least_active_first 2 (many 3 4) ltac:(lia) (fo_manager _ many_ok)) as (files & rest & E & Hp & Hl & _). exists files, rest. split_and!; [exact E|exact Hp|exact Hl].
Defined.

(** C0 at a file that is open for reading and is to be written to. *)
Lemma prepare_opens_witness : exists b w' g, prepare (plain_env 9 0) 1 3 0 (many 3 4) = Ok (b, w') /\ w_files w' !! 1%nat = Some g /\
  (b = true -> is_padding g = true \/ is_open g = true /\ has_permissions 3 g = true).
Proof.
  destruct (prepare_opens (plain_env 9 0) 1 3 (many 3 4) (set_last_touched 1 (set_open 3 1 new_file)) (plain_opens 9 0) many_ok ltac:(reflexivity) ltac:(lia))
    as (b & w' & g & E & _ & Hg & _ & H). by exists b, w', g.
Defined.

Definition one_more : world := set_file 16 new_file (many 16 16).

(** Sixteen files are open and one has to make room for another: the file that
    was meant to be remembered as the next one to go is closed as well. *)
Example evicts_the_cache_too : exists w, prepare (plain_env 100 0) 16 1 0 one_more = Ok (true, w) /\ open_files w = 15 /\ m_least_active_cache w = [(1%nat, 1)] /\
  (f ← get_file 1 w; Ok (is_open f)) = Ok false.
Proof. eexists. split_and!; vm_compute; reflexivity. Qed.

(** A closed file is in the cache, and closing it again does not take it out:
    when its download is gone, closing any file reads a file that is gone. *)
Example cache_outlives_file :
  match run [(plain_env 100 0, CPrepare 16 1); (plain_env 100 0, CCloseFiles [1%nat]); (plain_env 100 0, CDestroy 1)] one_more with
  | Ok w => close 2 w = UB
  | _ => False
  end.
Proof. vm_compute. reflexivity. Qed.

(** Waiting asks for as many descriptors as there may be too many, where
    [wait_for] expects how many may remain: with a hundred to be closed it waits
    until there are a hundred. *)
Example waits_for_nothing : exists w, prepare (plain_env 100 100) 16 1 0 (set_file 16 new_file (many 15 16)) = Ok (true, w) /\ w_waits w = [100].
Proof. eexists. split; vm_compute; reflexivity. Qed.
End FileManager.

Module FdCloseQueue.

(** ** The queue, the thread that fills it and the thread that empties it

    The mutex makes the steps under it atomic; between them the threads run as
    they like. *)

(** Where a call is: before the mutex, after it with the worker still to be
    woken, and the two steps of the destructor. *)
Inductive caller := Idle | Pushing (fds : list Z) | Waking | ShuttingDown | Joining.

(** Where the worker is: asleep, on its way to the mutex, closing what it took,
    done, or dead of an exception. *)
Inductive worker := Waiting | Woken | Closing (fds : list Z) (is_running : bool) | Returned | Thrown.

Record state := State {
  m_queue : list Z;
  m_should_shutdown : bool;
  m_wakeup_worker : bool;
  m_remaining : Z;
  s_caller : caller;
  s_worker : worker;
  s_given : list Z;
  s_closed : list Z }.

(** [s_given] and [s_closed]: all descriptors given to the queue, and closed. *)

Definition initial : state := State [] false false 0 Idle Waiting [] [].

Definition set_caller (c : caller) (s : state) : state :=
  State (m_queue s) (m_should_shutdown s) (m_wakeup_worker s) (m_remaining s) c (s_worker s) (s_given s) (s_closed s).
Definition set_worker (k : worker) (s : state) : state :=
  State (m_queue s) (m_should_shutdown s) (m_wakeup_worker s) (m_remaining s) (s_caller s) k (s_given s) (s_closed s).

(** [close_fds]; [close_fd] is the same with one descriptor. *)
Definition close_fds (fds : list Z) (s : state) : state :=
  match fds with
  | [] => s
  | _ => State (m_queue s) (m_should_shutdown s) (m_wakeup_worker s) (u32 (m_remaining s + zlen fds)) (Pushing fds) (s_worker s) (s_given s ++ fds) (s_closed s)
  end.

Definition push (fds : list Z) (s : state) : state :=
  match m_queue s with
  | [] => State fds (m_should_shutdown s) (m_wakeup_worker s) (m_remaining s) Waking (s_worker s) (s_given s) (s_closed s)
  | _ => State (m_queue s ++ fds) (m_should_shutdown s) (m_wakeup_worker s) (m_remaining s) Idle (s_worker s) (s_given s) (s_closed s)
  end.

Definition wake (c : caller) (s : state) : state :=
  State (m_queue s) (m_should_shutdown s) true (m_remaining s) c (s_worker s) (s_given s) (s_closed s).

Definition shut_down (s : state) : state :=
  State (m_queue s) true (m_wakeup_worker s) (m_remaining s) ShuttingDown (s_worker s) (s_given s) (s_closed s).

(** What the worker does under the mutex. *)
Definition take_queue (s : state) : state :=
  match m_queue s with
  | [] => set_worker (if m_should_shutdown s then Returned else Thrown) s
  | q => State [] (m_should_shutdown s) false (m_remaining s) (s_caller s) (Closing q (negb (m_should_shutdown s))) (s_given s) (s_closed s)
  end.

Definition close_one (fd : Z) (fds : list Z) (is_running : bool) (s : state) : state :=
  State (m_queue s) (m_should_shutdown s) (m_wakeup_worker s) (u32 (m_remaining s - 1)) (s_caller s) (Closing fds is_running) (s_given s) (s_closed s ++ [fd]).

(** The next step of the worker, if it has one. *)
Definition worker_step (s : state) : option state :=
  match s_worker s with
  | Waiting => if m_wakeup_worker s then Some (set_worker Woken s) else None
  | Woken => Some (take_queue s)
  | Closing (fd :: fds) r => Some (close_one fd fds r s)
  | Closing [] r => Some (set_worker (if r then Waiting else Returned) s)
  | Returned | Thrown => None
  end.

Inductive step : state -> state -> Prop :=
  | step_close fds s : s_caller s = Idle -> step s (close_fds fds s)
  | step_push fds s : s_caller s = Pushing fds -> step s (push fds s)
  | step_wake s : s_caller s = Waking -> step s (wake Idle s)
  | step_shut_down s : s_caller s = Idle -> step s (shut_down s)
  | step_shut_down_wake s : s_caller s = ShuttingDown -> step s (wake Joining s)
  | step_worker s s' : worker_step s = Some s' -> step s s'.

Definition reachable (s : state) : Prop := rtc step initial s.

(** [wait_for] loops while more than so many remain. *)
Definition wait_for_ends (max_remaining : Z) (s : state) : bool := negb (max_remaining <? m_remaining s).

(** ** Nothing is lost *)

Definition taken (s : state) : list Z := match s_worker s with Closing fds _ => fds | _ => [] end.
Definition pushing (s : state) : list Z := match s_caller s with Pushing fds => fds | _ => [] end.
Definition outstanding (s : state) : list Z := taken s ++ m_queue s ++ pushing s.

Definition shutting (s : state) : bool := match s_caller s with ShuttingDown | Joining => true | _ => false end.

Record queue_ok (s : state) : Prop := {
  qk_given : s_given s = s_closed s ++ outstanding s;
  qk_remaining : m_remaining s = u32 (zlen (outstanding s));
  qk_shutdown : m_should_shutdown s = shutting s;
  qk_wakeup : match s_caller s with
              | Idle | Pushing _ | ShuttingDown => m_wakeup_worker s = true <-> m_queue s <> []
              | Waking => m_wakeup_worker s = false /\ m_queue s <> []
              | Joining => m_queue s <> [] -> m_wakeup_worker s = true
              end;
  qk_pushing fds : s_caller s = Pushing fds -> fds <> [];
  qk_worker : match s_worker s with
              | Waiting | Closing _ true => s_caller s = Joining -> m_wakeup_worker s = true
              | Woken => m_wakeup_worker s = true
              | Closing _ false | Returned => m_should_shutdown s = true /\ m_queue s = []
              | Thrown => False
              end;
}.

Lemma u32_pred a : u32 (u32 a - 1) = u32 (a - 1).
Proof. unfold u32. by rewrite Zminus_mod_idemp_l. Qed.

Lemma zlen_snoc {A} (l : list A) k : zlen (l ++ k) = zlen l + zlen k.
Proof. unfold zlen. rewrite length_app. lia. Qed.

Ltac state_cases s := destruct s as [q sd wk rem cl wr given closed]; unfold outstanding, taken, pushing, shutting in *; cbn in *.

Lemma initial_ok : queue_ok initial.
Proof. constructor; done. Qed.

Lemma close_fds_ok fds s : queue_ok s -> s_caller s = Idle -> queue_ok (close_fds fds s).
Proof.
  intros [A B C D E F] Hc. destruct fds as [|fd fds]; [done|]. state_cases s. subst cl. cbn in *. rewrite app_nil_r in *.
  constructor; unfold outstanding, taken, pushing, shutting; cbn; [by rewrite A, <- !app_assoc| |done|done|by intros ? [= <-]|].
  - rewrite B, u32_add_l. f_equal. rewrite !zlen_snoc. lia.
  - destruct wr as [| |l []| |]; [by intros; congruence|done|by intros; congruence|done|done|done].
Qed.

Lemma push_ok fds s : queue_ok s -> s_caller s = Pushing fds -> queue_ok (push fds s).
Proof.
  intros [A B C D E F] Hc. pose proof (E fds Hc) as Hne. state_cases s. subst cl. cbn in *. unfold push. cbn. destruct q as [|x q]; cbn in *.
  - constructor; unfold outstanding, taken, pushing, shutting; cbn; [by rewrite app_nil_r|by rewrite app_nil_r|done| |done|].
    + split; [|done]. destruct wk; [|done]. by destruct (proj1 D eq_refl).
    + destruct wr as [| |l []| |]; [by intros; congruence|done|by intros; congruence|destruct F; congruence|destruct F; congruence|done].
  - constructor; unfold outstanding, taken, pushing, shutting; cbn; [by rewrite app_nil_r|by rewrite app_nil_r|done| |done|].
    + split; [done|intros _; by apply D].
    + destruct wr as [| |l []| |]; [by intros; congruence|done|by intros; congruence|by destruct F|by destruct F|done].
Qed.

Lemma wake_ok s c : queue_ok s -> (s_caller s = Waking /\ c = Idle \/ s_caller s = ShuttingDown /\ c = Joining) -> queue_ok (wake c s).
Proof.
  intros [A B C D E F] Hc. state_cases s. destruct Hc as [[-> ->]|[-> ->]]; cbn in *.
  - destruct D as [-> Hq]. constructor; unfold outstanding, taken, pushing, shutting; cbn; [done|done|done|done|done|].
    destruct wr as [| |l []| |]; try done; destruct F; congruence.
  - constructor; unfold outstanding, taken, pushing, shutting; cbn; [done|done|done|done|done|]. by destruct wr as [| |l []| |].
Qed.

Lemma shut_down_ok s : queue_ok s -> s_caller s = Idle -> queue_ok (shut_down s).
Proof.
  intros [A B C D E F] Hc. state_cases s. subst cl. cbn in *. constructor; unfold outstanding, taken, pushing, shutting; cbn; [done|done|done|done|done|].
  destruct wr as [| |l []| |]; try done; destruct F; congruence.
Qed.

Lemma worker_ok s s' : queue_ok s -> worker_step s = Some s' -> queue_ok s'.
Proof.
  intros [A B C D E F] Hs. state_cases s. unfold worker_step in Hs. cbn in Hs. destruct wr as [| |[|fd l] r| |]; cbn in *.
  - destruct wk; [|done]. injection Hs as <-. by constructor.
  - injection Hs as <-. unfold take_queue. cbn. subst wk. destruct q as [|x q]; cbn in *.
    + destruct sd; constructor; try done; unfold shutting, set_worker in *; cbn in *. destruct cl; try done; try (by destruct D as [D _]; destruct (D eq_refl)); by destruct D.
    + constructor; unfold outstanding, taken, pushing, shutting in *; cbn in *; [done|done|done| |done|].
      * destruct cl; try done; by destruct D.
      * destruct sd; cbn; [done|]. intros ->. done.
  - injection Hs as <-. destruct r; by constructor.
  - injection Hs as <-. constructor; unfold outstanding, taken, pushing, shutting; cbn; [by rewrite A, <- !app_assoc| |done|done|done|done].
    rewrite B, u32_pred. f_equal. change (fd :: l ++ q ++ _) with ([fd] ++ l ++ q ++ match cl with Pushing fds => fds | _ => [] end). rewrite zlen_snoc. unfold zlen at 1. cbn. lia.
  - done.
  - done.
Qed.

Lemma queue_step_ok s s' : queue_ok s -> step s s' -> queue_ok s'.
Proof.
  intros Hs Hst. revert Hs. destruct Hst; intros Hs; [by apply close_fds_ok|by apply push_ok|apply wake_ok; tauto|by apply shut_down_ok|apply wake_ok; tauto|by eapply worker_ok].
Qed.

Lemma queue_reachable_ok s : reachable s -> queue_ok s.
Proof.
  intros Hr. unfold reachable in Hr. remember initial as i eqn:Ei. assert (Hi : queue_ok i) by (subst; apply initial_ok). clear Ei.
  induction Hr as [|a b c Hab _ IH]; [done|]. apply IH. by eapply queue_step_ok.
Qed.

(** ** The worker empties the queue *)

Fixpoint worker_run (n : nat) (s : state) : state :=
  match n with O => s | S n => match worker_step s with Some s => worker_run n s | None => s end end.

Lemma worker_run_add a b s : worker_run (a + b) s = worker_run b (worker_run a s).
Proof.
  revert s. induction a as [|a IH]; intros s; [done|]. cbn. destruct (worker_step s) as [s'|] eqn:E; [apply IH|].
  destruct b as [|b]; cbn; [done|]. by rewrite E.
Qed.

Lemma worker_run_S n s s1 : worker_step s = Some s1 -> worker_run (S n) s = worker_run n s1.
Proof. intros E. cbn. by rewrite E. Qed.

Lemma worker_run_ok n : forall s, queue_ok s -> queue_ok (worker_run n s).
Proof. induction n as [|n IH]; intros s Hs; [done|]. cbn. destruct (worker_step s) as [s'|] eqn:E; [|done]. apply IH. by eapply worker_ok. Qed.

(** What the worker leaves alone. *)
Record by_worker (s s' : state) : Prop := {
  bw_caller : s_caller s' = s_caller s;
  bw_shutdown : m_should_shutdown s' = m_should_shutdown s;
  bw_given : s_given s' = s_given s;
}.

Lemma worker_run_frame n : forall s, by_worker s (worker_run n s).
Proof.
  induction n as [|n IH]; intros s; [done|]. cbn. destruct (worker_step s) as [s'|] eqn:E; [|done]. destruct (IH s') as [A B C].
  assert (by_worker s s') as [A' B' C']; [|constructor; congruence]. unfold worker_step in E.
  destruct (s_worker s) as [| |[|fd l] r| |]; simplify_eq; [destruct (m_wakeup_worker s); by simplify_eq| |done|done]. unfold take_queue. by destruct (m_queue s).
Qed.

(** Closing what was taken. *)
Lemma drain_taken fds : forall s r, s_worker s = Closing fds r ->
  let s' := worker_run (S (length fds)) s in
  s_worker s' = (if r then Waiting else Returned) /\ m_queue s' = m_queue s /\ m_wakeup_worker s' = m_wakeup_worker s.
Proof.
  induction fds as [|fd fds IH]; intros s r Hs s'.
  - unfold s'. cbn [length worker_run]. unfold worker_step. rewrite Hs. done.
  - unfold s'. cbn [length]. rewrite (worker_run_S _ s (close_one fd fds r s)) by (unfold worker_step; by rewrite Hs).
    destruct (IH (close_one fd fds r s) r) as (A & B & C); [done|]. done.
Qed.

(** From the mutex on. *)
Lemma drain_queue s : queue_ok s -> s_worker s = Woken -> let s' := worker_run (length (m_queue s) + 2) s in
  m_queue s' = [] /\ taken s' = [] /\ (m_should_shutdown s = true -> s_worker s' = Returned).
Proof.
  intros Hok Hs s'. unfold s'. replace (length (m_queue s) + 2)%nat with (S (S (length (m_queue s)))) by lia.
  rewrite (worker_run_S _ s (take_queue s)) by (unfold worker_step; by rewrite Hs). unfold take_queue. destruct (m_queue s) as [|x q] eqn:Eq.
  - destruct (m_should_shutdown s) eqn:Esd; [cbn; by rewrite Eq|]. exfalso. destruct Hok as [_ _ C D _ F]. rewrite Hs in F. rewrite Esd in C. unfold shutting in C.
    destruct (s_caller s); [by apply D in F|by apply D in F|by destruct D; congruence|done|done].
  - set (s1 := State _ _ _ _ _ _ _ _). destruct (drain_taken (x :: q) s1 (negb (m_should_shutdown s)) eq_refl) as (A & B & _). cbn zeta in A, B. rewrite B. split_and!; [done| |].
    + unfold taken. rewrite A. by destruct (m_should_shutdown s).
    + intros E. by rewrite A, E.
Qed.

Lemma drained s : queue_ok s -> m_queue s = [] -> taken s = [] -> pushing s = [] -> s_closed s = s_given s /\ m_remaining s = 0.
Proof.
  intros [A B _ _ _ _] E1 E2 E3. unfold outstanding in A, B. rewrite E1, E2, E3 in A, B. cbn in A, B. split; [by rewrite A, app_nil_r|done].
Qed.

(** From sleep or from the mutex the worker empties the queue. *)
Lemma drain_rest s : queue_ok s -> (s_caller s = Idle \/ s_caller s = Joining) -> (forall fds r, s_worker s <> Closing fds r) ->
  exists n, (n <= length (m_queue s) + 3)%nat /\ let s' := worker_run n s in m_queue s' = [] /\ taken s' = [] /\ (s_caller s = Joining -> s_worker s' = Returned).
Proof.
  intros Hok Hc Ht. pose proof Hok as [_ _ C D _ F]. destruct (s_worker s) as [| |fds r| |] eqn:Ew; [| | | |done].
  - destruct (m_wakeup_worker s) eqn:Ewk.
    + exists (S (length (m_queue s) + 2)). split; [lia|]. cbn zeta. assert (Hstep : worker_step s = Some (set_worker Woken s)) by (unfold worker_step; by rewrite Ew, Ewk).
      rewrite (worker_run_S _ s (set_worker Woken s) Hstep).
      destruct (drain_queue (set_worker Woken s) (worker_ok s _ Hok Hstep) eq_refl) as (H1 & H2 & H3). cbn [set_worker m_queue m_should_shutdown] in H1, H2, H3.
      split_and!; [done|done|]. intros E. apply H3. rewrite C. unfold shutting. by rewrite E.
    + exists 0%nat. split; [lia|]. cbn. destruct Hc as [E|E]; rewrite E in *; [|by specialize (F eq_refl)].
      split_and!; [|unfold taken; by rewrite Ew|done]. destruct (m_queue s); [done|]. by assert (false = true) by (by apply D).
  - exists (length (m_queue s) + 2)%nat. split; [lia|]. cbn zeta. destruct (drain_queue s Hok Ew) as (H1 & H2 & H3).
    split_and!; [done|done|]. intros E. apply H3. rewrite C. unfold shutting. by rewrite E.
  - by destruct (Ht fds r).
  - exists 0%nat. split; [lia|]. cbn. destruct F as [_ F]. unfold taken. rewrite Ew. by split_and!.
Qed.

Lemma worker_drains s : queue_ok s -> (s_caller s = Idle \/ s_caller s = Joining) ->
  exists n, (n <= length (outstanding s) + 4)%nat /\ let s' := worker_run n s in
    s_closed s' = s_given s /\ m_remaining s' = 0 /\ (s_caller s = Joining -> s_worker s' = Returned).
Proof.
  intros Hok Hc.
  assert (exists a, (a <= S (length (taken s)))%nat /\ m_queue (worker_run a s) = m_queue s /\ (forall fds r, s_worker (worker_run a s) <> Closing fds r)) as (a & Ha & Hq & Hw).
  { destruct (s_worker s) as [| |fds r| |] eqn:Ew; [by exists 0%nat; cbn; rewrite Ew; split_and!; [lia|..]|by exists 0%nat; cbn; rewrite Ew; split_and!; [lia|..]| |
      by exists 0%nat; cbn; rewrite Ew; split_and!; [lia|..]|by exists 0%nat; cbn; rewrite Ew; split_and!; [lia|..]].
    destruct (drain_taken fds s r Ew) as (A & B & _). exists (S (length fds)). unfold taken. rewrite Ew. split_and!; [lia|done|]. intros fds' r'. rewrite A. by destruct r. }
  pose proof (worker_run_ok a s Hok) as Hok1. destruct (worker_run_frame a s) as [Fc Fs Fg]. set (s1 := worker_run a s) in *.
  destruct (drain_rest s1 Hok1) as (b & Hb & Hq2 & Ht2 & Hr2); [by rewrite Fc|done|].
  exists (a + b)%nat. split; [unfold outstanding; rewrite !length_app; rewrite Hq in Hb; lia|]. cbn zeta. rewrite worker_run_add. fold s1.
  destruct (worker_run_frame b s1) as [Gc Gs Gg]. destruct (drained (worker_run b s1)) as [D1 D2]; [by apply worker_run_ok|done|done| |].
  { unfold pushing. rewrite Gc, Fc. by destruct Hc as [->| ->]. }
  split_and!; [congruence|done|]. intros E. apply Hr2. congruence.
Qed.

(** ** Theorems *)

(** C24: However the steps of the two threads interleave, the worker never dies of
    its exception, descriptors are closed in the order in which they were given
    to the queue and each of them once, and the counter is the number of those
    that are still to be closed. *)
Theorem closing_loses_nothing s : reachable s ->
  s_worker s <> Thrown /\ s_given s = s_closed s ++ outstanding s /\ m_remaining s = u32 (zlen (outstanding s)).
Proof. intros Hr. destruct (queue_reachable_ok s Hr) as [A B _ _ _ F]. split_and!; [|done|done]. intros E. by rewrite E in F. Qed.

(** C25: No wake-up is lost: in every reachable state in which no call is under
    way, the worker left alone closes every descriptor that was given within
    four steps more than there are descriptors left, so that waiting for any
    number to remain ends; when the queue is being destroyed the worker returns
    as well. *)
Theorem closing_makes_progress s : reachable s -> (s_caller s = Idle \/ s_caller s = Joining) ->
  exists n, (n <= length (outstanding s) + 4)%nat /\ let s' := worker_run n s in
    s_closed s' = s_given s /\ (forall max_remaining, 0 <= max_remaining -> wait_for_ends max_remaining s' = true) /\
    (s_caller s = Joining -> s_worker s' = Returned).
Proof.
  intros Hr Hc. destruct (worker_drains s (queue_reachable_ok s Hr) Hc) as (n & Hn & H1 & H2 & H3). exists n. cbn zeta. split_and!; [done|done| |done].
  intros m Hm. unfold wait_for_ends. rewrite H2. apply negb_true_iff, Z.ltb_ge. lia.
Qed.

(** Two descriptors in two calls, the second while the worker closes the first. *)
Definition two_calls : state := State [4] false true 2 Idle (Closing [3] true) [3; 4] [].

Lemma two_calls_reachable : reachable two_calls.
Proof.
  unfold reachable. eapply (rtc_l _ _ (close_fds [3] initial)); [by constructor|]. eapply (rtc_l _ _ (State [3] false false 1 Waking Waiting [3] [])); [by apply (step_push [3])|].
  eapply (rtc_l _ _ (State [3] false true 1 Idle Waiting [3] [])); [by apply step_wake|].
  eapply (rtc_l _ _ (State [3] false true 1 Idle Woken [3] [])); [by apply step_worker|].
  eapply (rtc_l _ _ (State [] false false 1 Idle (Closing [3] true) [3] [])); [by apply step_worker|].
  eapply (rtc_l _ _ (State [] false false 2 (Pushing [4]) (Closing [3] true) [3; 4] [])); [by apply (step_close [4])|].
  eapply (rtc_l _ _ (State [4] false false 2 Waking (Closing [3] true) [3; 4] [])); [by apply (step_push [4])|].
  eapply (rtc_l _ _ two_calls); [by apply step_wake|]. done.
Qed.

(** C0 at that state. *)
Lemma closing_loses_nothing_witness : s_given two_calls = s_closed two_calls ++ outstanding two_calls.
Proof. apply (closing_loses_nothing two_calls two_calls_reachable). Defined.

(** C0 at that state. *)
Lemma closing_makes_progress_witness : exists n, (n <= 6)%nat /\ s_closed (worker_run n two_calls) = [3; 4].
Proof.
  destruct (closing_makes_progress two_calls two_calls_reachable (or_introl eq_refl)) as (n & Hn & H & _). exists n. split; [exact Hn|exact H].
Defined.
End FdCloseQueue.
