(* ===== verification/FileList.v ===== *)
(** * Files of a download (src/torrent/data/file_list.cc, file_list.h,
      download_data.cc, download_data.h, src/download/download_wrapper.cc:
      receive_update_priorities)

    Module [DownloadData]: which chunks are done and which are wanted.
    Module [FileList]: the files of a download laid out over its chunks:
    splitting and merging them, opening and closing them together, mapping a
    chunk from the files it is spread over, counting the chunks of each file
    that are done, and what the priorities of the files make of the chunks.

    A file list is the numbers of its files in the store of the file manager.
    The calls of the operating system are arguments; a storage error that the
    code catches is a value, so that what was done before it is kept. *)

From S2P Require Import Prelude Bitfield Ranges ProtocolBase FileManager.
Import Path File FileManager.

Module DownloadData.

Record download_data := Data {
  m_completed_bitfield : Bitfield.Bitfield;
  m_high_priority : Ranges.ranges;
  m_normal_priority : Ranges.ranges;
  m_wanted_chunks : Z }.

Definition new_data : download_data := Data Bitfield.empty_bitfield [] [] 0.

Definition set_bitfield (b : Bitfield.Bitfield) (d : download_data) : download_data :=
  Data b (m_high_priority d) (m_normal_priority d) (m_wanted_chunks d).
Definition set_priorities (high normal : Ranges.ranges) (d : download_data) : download_data :=
  Data (m_completed_bitfield d) high normal (m_wanted_chunks d).
Definition set_wanted_chunks (n : Z) (d : download_data) : download_data :=
  Data (m_completed_bitfield d) (m_high_priority d) (m_normal_priority d) n.

(** The index runs until it equals the end of the range. *)
Fixpoint missing_loop (b : Bitfield.Bitfield) (steps : nat) (idx result : Z) : res Z :=
  match steps with
  | O => Ok result
  | S steps => done ← Bitfield.get b idx; missing_loop b steps (u32 (idx + 1)) (u32 (result + b2z (negb done)))
  end.
Fixpoint missing (b : Bitfield.Bitfield) (l : Ranges.ranges) (result : Z) : res Z :=
  match l with
  | [] => Ok result
  | r :: l => result ← missing_loop b (Z.to_nat (u32 (r.2 - r.1))) r.1 result; missing b l result
  end.

Definition calc_wanted_chunks (d : download_data) : res Z :=
  let b := m_completed_bitfield d in
  if Bitfield.is_all_set b then Ok 0
  else
    let wanted_ranges := Ranges.create_union (m_normal_priority d) (m_high_priority d) in
    if Bitfield.is_all_unset b || Bitfield.empty b then
      let wanted_count := Ranges.intersect_distance (0, Bitfield.size_bits b) wanted_ranges in
      Ok (Z.min (u32 wanted_count) (Bitfield.size_unset b))
    else missing b wanted_ranges 0.

Definition update_wanted_chunks (d : download_data) : res download_data := n ← calc_wanted_chunks d; Ok (set_wanted_chunks n d).

Definition verify_wanted_chunks (d : download_data) : res unit :=
  n ← calc_wanted_chunks d; throw_when (negb (m_wanted_chunks d =? n)) internal_error.
End DownloadData.

Module FileList.
Import DownloadData.

Record file_list := Files {
  fl : list nat;
  m_data : download_data;
  m_is_open : bool;
  m_is_multi_file : bool;
  m_torrent_size : Z;
  m_chunk_size : Z;
  m_max_file_size : Z;
  m_root_dir : list Z;
  m_frozen_root_dir : list Z;
  m_indirect_links : list (list Z) }.

Definition new_list : file_list := Files [] new_data false false 0 0 (2 ^ 64 - 1) [] [] [].

Definition set_fl (ids : list nat) (l : file_list) : file_list :=
  Files ids (m_data l) (m_is_open l) (m_is_multi_file l) (m_torrent_size l) (m_chunk_size l) (m_max_file_size l) (m_root_dir l) (m_frozen_root_dir l) (m_indirect_links l).
Definition set_data (d : download_data) (l : file_list) : file_list :=
  Files (fl l) d (m_is_open l) (m_is_multi_file l) (m_torrent_size l) (m_chunk_size l) (m_max_file_size l) (m_root_dir l) (m_frozen_root_dir l) (m_indirect_links l).
Definition set_is_open (b : bool) (l : file_list) : file_list :=
  Files (fl l) (m_data l) b (m_is_multi_file l) (m_torrent_size l) (m_chunk_size l) (m_max_file_size l) (m_root_dir l) (m_frozen_root_dir l) (m_indirect_links l).
Definition set_multi_file (b : bool) (l : file_list) : file_list :=
  Files (fl l) (m_data l) (m_is_open l) b (m_torrent_size l) (m_chunk_size l) (m_max_file_size l) (m_root_dir l) (m_frozen_root_dir l) (m_indirect_links l).
Definition set_sizes (torrent chunk : Z) (l : file_list) : file_list :=
  Files (fl l) (m_data l) (m_is_open l) (m_is_multi_file l) torrent chunk (m_max_file_size l) (m_root_dir l) (m_frozen_root_dir l) (m_indirect_links l).
Definition put_max_file_size (n : Z) (l : file_list) : file_list :=
  Files (fl l) (m_data l) (m_is_open l) (m_is_multi_file l) (m_torrent_size l) (m_chunk_size l) n (m_root_dir l) (m_frozen_root_dir l) (m_indirect_links l).
Definition set_dirs (root frozen : list Z) (l : file_list) : file_list :=
  Files (fl l) (m_data l) (m_is_open l) (m_is_multi_file l) (m_torrent_size l) (m_chunk_size l) (m_max_file_size l) root frozen (m_indirect_links l).
Definition set_links (links : list (list Z)) (l : file_list) : file_list :=
  Files (fl l) (m_data l) (m_is_open l) (m_is_multi_file l) (m_torrent_size l) (m_chunk_size l) (m_max_file_size l) (m_root_dir l) (m_frozen_root_dir l) links.

(** ** Sizes *)

Definition bitfield (l : file_list) : Bitfield.Bitfield := m_completed_bitfield (m_data l).
Definition size_bytes (l : file_list) : Z := m_torrent_size l.
Definition size_chunks (l : file_list) : Z := Bitfield.size_bits (bitfield l).
Definition completed_chunks (l : file_list) : Z := Bitfield.size_set (bitfield l).
Definition is_done (l : file_list) : bool := completed_chunks l =? size_chunks l.

Definition chunk_index_size (index : Z) (l : file_list) : res Z :=
  if negb (u32 (index + 1) =? size_chunks l) then Ok (m_chunk_size l)
  else
    _ ← ub_when (m_chunk_size l =? 0);
    Ok (if size_bytes l mod m_chunk_size l =? 0 then m_chunk_size l else u32 (size_bytes l mod m_chunk_size l)).

(** [chunk_index_position] multiplies at 32 bits. *)
Definition chunk_index_position (index : Z) (l : file_list) : Z := u32 (index * m_chunk_size l).

Definition is_valid_piece (p : Piece.Piece) (l : file_list) : res bool :=
  let index := Piece.m_index p in let offset := Piece.m_offset p in let length := Piece.m_length p in
  if (index <? size_chunks l) && negb (length =? 0) && (offset <=? u32 (offset + length)) then
    size ← chunk_index_size index l; Ok (u32 (offset + length) <=? size)
  else Ok false.

Definition completed_bytes (l : file_list) : res Z :=
  let cs := m_chunk_size l in
  if Bitfield.empty (bitfield l) then Ok (if Bitfield.is_all_set (bitfield l) then size_bytes l else u64 (completed_chunks l * cs))
  else
    last ← Bitfield.get (bitfield l) (u32 (size_chunks l - 1));
    if negb last then Ok (u64 (completed_chunks l * cs))
    else
      _ ← ub_when (cs =? 0);
      if size_bytes l mod cs =? 0 then Ok (u64 (completed_chunks l * cs))
      else
        _ ← throw_when (completed_chunks l =? 0) internal_error;
        Ok (u64 (u64 (u32 (completed_chunks l - 1) * cs) + size_bytes l mod cs)).

Definition left_bytes (l : file_list) : res Z :=
  completed ← completed_bytes l;
  let left := u64 (size_bytes l - completed) in
  _ ← throw_when (2 ^ 60 <? left) internal_error;
  _ ← throw_when ((completed_chunks l =? size_chunks l) && negb (left =? 0)) internal_error;
  Ok left.

(** [find_last_not_of] *)
Fixpoint last_not_of (c : Z) (s : list Z) : option nat :=
  match s with
  | [] => None
  | x :: s => match last_not_of c s with Some n => Some (S n) | None => if x =? c then None else Some O end
  end.

Definition set_root_dir (path : list Z) (l : file_list) : res file_list :=
  _ ← throw_when (m_is_open l) input_error;
  Ok (set_dirs (match last_not_of slash path with None => [46] | Some last => take (S last) path end) (m_frozen_root_dir l) l).

Definition set_max_file_size (size : Z) (l : file_list) : res file_list :=
  _ ← throw_when (m_is_open l) input_error; Ok (put_max_file_size size l).

(** ** The file system *)

Record fs_env := FsEnv {
  fs_files : environment;
  fs_mkdir : list Z -> bool;
  fs_is_link : list Z -> bool;
  fs_stat : list Z -> option (bool * Z);
  fs_statvfs : list Z -> option Z;
  fs_mmap : Z -> Z -> Z -> Z -> bool;
  fs_mmap_anon : Z -> Z -> bool;
  fs_page_size : Z }.

(** [fs_mkdir]: the directory is there afterwards; [fs_mmap]: the file, the
    offset, the length and the protection; [fs_stat]: whether the path
    is a regular file or a link, and its size. *)

(** The space of the links, with the answers so far in a cache. *)
Fixpoint free_loop (env : fs_env) (links : list (list Z)) (cache : list (list Z * Z)) (free : Z) : Z * list (list Z * Z) :=
  match links with
  | [] => (free, cache)
  | link :: links =>
    match snd <$> list_find (fun e => e.1 = link) cache with
    | Some (_, n) => free_loop env links cache (if n <? free then n else free)
    | None =>
      match fs_statvfs env link with
      | None => free_loop env links cache free
      | Some n => free_loop env links (cache ++ [(link, n)]) (if n <? free then n else free)
      end
    end
  end.
Definition free_diskspace (env : fs_env) (cache : list (list Z * Z)) (l : file_list) : Z * list (list Z * Z) :=
  let '(free, cache) := free_loop env (m_indirect_links l) cache (2 ^ 64 - 1) in
  (if free =? 2 ^ 64 - 1 then 0 else free, cache).

Section list.
Context (env : fs_env).

Definition file_at (i : nat) (l : file_list) (w : world) : res File := id ← of_deref (fl l !! i); get_file id w.
Definition update_at (i : nat) (g : File -> File) (l : file_list) (w : world) : res world :=
  id ← of_deref (fl l !! i); f ← get_file id w; Ok (set_file id (g f) w).

(** A file that was not there before. *)
Definition add_file (f : File) (w : world) : nat * world := let id := fresh (dom (w_files w)) in (id, set_file id f w).

(** [File::set_match_depth] of a file and the next one *)
Definition match_depth_at (i : nat) (l : file_list) (w : world) : res world :=
  left ← file_at i l w; right ← file_at (S i) l w;
  w ← update_at i (fun _ => fst (set_match_depth left right)) l w;
  update_at (S i) (fun _ => snd (set_match_depth left right)) l w.

(** ** Splitting and merging *)

Fixpoint new_files (chunk_size offset : Z) (splits : list (Z * Path * Z)) (w : world) : list nat * Z * world :=
  match splits with
  | [] => ([], offset, w)
  | (size, path, flags) :: splits =>
    let f := set_range chunk_size (set_size_bytes size (set_offset offset new_file)) in
    let f := set_flags flags (set_path path f) in
    let '(id, w) := add_file f w in
    let '(ids, offset, w) := new_files chunk_size (u64 (offset + size)) splits w in
    (id :: ids, offset, w)
  end.

Definition split (position : nat) (splits : list (Z * Path * Z)) (l : file_list) (w : world) : res (nat * nat * file_list * world) :=
  _ ← throw_when (m_is_open l) internal_error;
  _ ← throw_when ((length splits =? 0)%nat || (position =? length (fl l))%nat) internal_error;
  w ← (if (position =? 0)%nat then Ok w else update_at (position - 1) (set_match_depth_next 0) l w);
  w ← (if (S position =? length (fl l))%nat then Ok w else update_at (S position) (set_match_depth_prev 0) l w);
  old_id ← of_deref (fl l !! position);
  old_file ← get_file old_id w;
  let '(ids, offset, w) := new_files (m_chunk_size l) (m_offset old_file) splits w in
  let l := set_fl (take position (fl l) ++ ids ++ drop (S position) (fl l)) l in
  _ ← throw_when (negb (offset =? u64 (m_offset old_file + m_size old_file))) internal_error;
  w ← destroy old_id w;
  Ok (position, (position + length splits)%nat, l, w).

Fixpoint sum_sizes (ids : list nat) (size : Z) (w : world) : res Z :=
  match ids with [] => Ok size | id :: ids => f ← get_file id w; sum_sizes ids (u64 (size + m_size f)) w end.

Fixpoint destroy_all (ids : list nat) (w : world) : res world :=
  match ids with [] => Ok w | id :: ids => w ← destroy id w; destroy_all ids w end.

(** The new file, in the place of the files that are merged. *)
Definition merge_new (first last : nat) (f : File) (l : file_list) (w : world) : res (file_list * world) :=
  if (first =? last)%nat then
    offset ← (if (first =? length (fl l))%nat then Ok (m_torrent_size l) else g ← file_at first l w; Ok (m_offset g));
    let '(id, w) := add_file (set_offset offset f) w in
    Ok (set_fl (take first (fl l) ++ id :: drop first (fl l)) l, w)
  else
    g ← file_at first l w;
    let merged := take (last - first) (drop first (fl l)) in
    size ← sum_sizes merged 0 w;
    let '(id, w) := add_file (set_size_bytes size (set_offset (m_offset g) f)) w in
    w ← destroy_all (drop 1 merged ++ take 1 merged) w;
    Ok (set_fl (take first (fl l) ++ id :: drop last (fl l)) l, w).

(** Its match depths with the files beside it *)
Definition merge_match (first : nat) (l : file_list) (w : world) : res world :=
  w ← (if (first =? 0)%nat then update_at first (set_match_depth_prev 0) l w else match_depth_at (first - 1) l w);
  if (S first =? length (fl l))%nat then update_at first (set_match_depth_next 0) l w else match_depth_at first l w.

Definition merge (first last : nat) (path : Path) (l : file_list) (w : world) : res (nat * file_list * world) :=
  _ ← ub_when ((last <? first)%nat || (length (fl l) <? last)%nat);
  '(l, w) ← merge_new first last (set_path path new_file) l w;
  w ← update_at first (set_range (m_chunk_size l)) l w;
  w ← merge_match first l w;
  Ok (first, l, w).

(** ** Paths *)

Fixpoint verify_loop (steps i : nat) (l : file_list) (w : world) : res unit :=
  match steps with
  | O => Ok tt
  | S steps =>
    f ← file_at i l w; g ← file_at (S i) l w;
    _ ← throw_when (negb (m_match_depth_next f =? m_match_depth_prev g) || (zlen (m_path f) <=? m_match_depth_next f)) internal_error;
    verify_loop steps (S i) l w
  end.
Definition verify_file_list (l : file_list) (w : world) : res unit :=
  _ ← throw_when (length (fl l) =? 0)%nat internal_error;
  f ← file_at 0 l w; g ← file_at (length (fl l) - 1) l w;
  _ ← throw_when (negb (m_match_depth_prev f =? 0) || negb (m_match_depth_next g =? 0)) internal_error;
  verify_loop (length (fl l) - 1) 0 l w.

Fixpoint depth_loop (steps first : nat) (l : file_list) (w : world) : res world :=
  match steps with
  | O => Ok w
  | S steps =>
    if (S first =? length (fl l))%nat then Ok w
    else w ← match_depth_at first l w; depth_loop steps (S first) l w
  end.
Definition update_paths (first last : nat) (l : file_list) (w : world) : res world :=
  if (first =? last)%nat then Ok w
  else
    w ← (if (first =? 0)%nat then Ok w else match_depth_at (first - 1) l w);
    w ← depth_loop (last - first) first l w;
    _ ← verify_file_list l w;
    Ok w.

(** ** A new list *)

(** A dummy file that may be split later. *)
Definition initialize (torrentSize chunkSize : Z) (l : file_list) (w : world) : res (file_list * world) :=
  _ ← throw_when (chunkSize =? 0) internal_error;
  let l := set_dirs [46] (m_frozen_root_dir l) (set_sizes torrentSize chunkSize l) in
  b ← Bitfield.set_size_bits (bitfield l) (u32 (u64 (torrentSize + chunkSize - 1) / chunkSize));
  let d := set_bitfield b (m_data l) in
  let d := set_priorities (m_high_priority d) (Ranges.insert (0, Bitfield.size_bits b) (m_normal_priority d)) d in
  let l := set_data (set_wanted_chunks (Bitfield.size_bits b) d) l in
  let '(id, w) := add_file (set_range chunkSize (set_size_bytes torrentSize (set_offset 0 new_file))) w in
  Ok (set_fl (fl l ++ [id]) l, w).

(** ** Opening and closing *)

Definition open_no_create : Z := 1.

(** The names of the path from [start] on become directories, the last one
    apart; links are remembered.  The flag tells of a storage error. *)
Fixpoint directory_loop (path : list Z) (skip : nat) (names : Path) (links : list (list Z)) : list (list Z) * bool :=
  match names with
  | [] => (links, false)
  | name :: names =>
    let path := path ++ slash :: name in
    match skip with
    | S skip => directory_loop path skip names links
    | O =>
      let links := if fs_is_link env path && negb (bool_decide (path ∈ links)) then links ++ [path] else links in
      if (length names =? 0)%nat then (links, false)
      else if fs_mkdir env path then directory_loop path 0 names links
      else (links, true)
    end
  end.
Definition make_directory (path : Path) (start : nat) (l : file_list) : file_list * bool :=
  let '(links, failed) := directory_loop (m_root_dir l) start path (m_indirect_links l) in (set_links links l, failed).

(** Whether the file is open, or a storage error. *)
Definition open_file (id : nat) (lastPath : Path) (flags : Z) (l : file_list) (w : world) : res (option bool * file_list * world) :=
  f ← get_file id w;
  let '(l, failed) := if Z.land flags open_no_create =? 0 then make_directory (m_path f) (common (m_path f) lastPath) l else (l, false) in
  if failed : bool then Ok (None, l, w)
  else
    back ← of_deref (last (m_path f));
    if (length back =? 0)%nat then Ok (Some (m_size f =? 0), l, w)
    else
      match fs_stat env (m_frozen_path f) with
      | Some (false, _) => Ok (Some false, l, w)
      | _ => '(b, w) ← prepare (fs_files env) id prot_read 0 w; Ok (Some b, l, w)
      end.

(** What [strcmp] sees of a string. *)
Fixpoint c_str (s : list Z) : list Z := match s with [] => [] | c :: s => if c =? 0 then [] else c :: c_str s end.

(** The loop over the entries; the flag tells of a storage error. *)
Fixpoint open_loop (flags : Z) (ids : list nat) (lastPath : Path) (pathSet : list (list Z)) (l : file_list) (w : world) : res (bool * file_list * world) :=
  match ids with
  | [] => Ok (false, l, w)
  | id :: ids =>
    f ← get_file id w;
    if is_open f || is_padding f then open_loop flags ids lastPath pathSet l w
    else
      match last (m_path f) with
      | None => Ok (true, l, w)
      | Some back =>
        let f := set_frozen_path (if (length back =? 0)%nat then [] else m_root_dir l ++ as_string (m_path f)) f in
        let w := set_file id f w in
        if bool_decide (c_str (m_frozen_path f) ∈ pathSet) then Ok (true, l, w)
        else
          let pathSet := c_str (m_frozen_path f) :: pathSet in
          if m_max_file_size l <? m_size f then Ok (true, l, w)
          else
            let w := set_file id (set_flags_protected flag_active f) w in
            '(done, l, w) ← open_file id lastPath flags l w;
            match done with
            | None => Ok (true, l, w)
            | Some false => if Z.land flags open_no_create =? 0 then Ok (true, l, w) else open_loop flags ids lastPath pathSet l w
            | Some true => open_loop flags ids (m_path f) pathSet l w
            end
      end
  end.

Fixpoint deactivate (ids : list nat) (w : world) : res world :=
  match ids with [] => Ok w | id :: ids => f ← get_file id w; deactivate ids (set_file id (unset_flags_protected flag_active f) w) end.

Definition close (l : file_list) (w : world) : res (file_list * world) :=
  if negb (m_is_open l) then Ok (l, w)
  else
    w ← deactivate (fl l) w;
    w ← close_files (fl l) w;
    let l := set_links [] (set_is_open false l) in
    Ok (set_data (set_bitfield (Bitfield.unallocate (bitfield l)) (m_data l)) l, w).

Definition close_all_files (l : file_list) (w : world) : res world := if negb (m_is_open l) then Ok w else close_files (fl l) w.

Definition make_root_path (l : file_list) : bool := m_is_open l && fs_mkdir env (m_root_dir l).

(** Opens the list until a torrent of unknown size, which [reset_filesize]
    opens again with its size known; the flag tells of a storage error. *)
Definition open_once (flags : Z) (l : file_list) (w : world) : res (bool * file_list * world) :=
  _ ← throw_when (length (m_root_dir l) =? 0)%nat internal_error;
  let l := set_links (m_indirect_links l ++ [m_root_dir l]) l in
  '(failed, l, w) ← (if (Z.land flags open_no_create =? 0) && negb (make_root_path l) then Ok (true, l, w)
                     else open_loop flags (fl l) [] [] l w);
  if failed : bool then
    w ← deactivate (fl l) w;
    w ← close_files (fl l) w;
    Ok (true, set_is_open false l, w)
  else Ok (false, set_dirs (m_root_dir l) (m_root_dir l) (set_is_open true l), w).

(** Before the list is opened again *)
Definition reset_sizes (size : Z) (l : file_list) (w : world) : res (file_list * world) :=
  '(l, w) ← close l w;
  let l := set_sizes (u64 size) (u32 size) l in
  w ← update_at 0 (fun f => set_range (m_chunk_size l) (set_size_bytes (u64 size) f)) l w;
  b ← Bitfield.unset_all (Bitfield.allocate (bitfield l));
  Ok (set_data (set_bitfield b (m_data l)) l, w).

(** The size that a torrent of unknown size turns out to have *)
Definition found_size (l : file_list) (w : world) : res (option Z) :=
  if size_bytes l <? 2 then
    f ← file_at 0 l w;
    Ok (match fs_stat env (m_frozen_path f) with Some (_, size) => if 1 <? size then Some size else None | None => None end)
  else Ok None.

(** With its size known a list is not opened another time. *)
Fixpoint open_fuel (fuel : nat) (flags : Z) (l : file_list) (w : world) : res (bool * file_list * world) :=
  match fuel with
  | O => UB
  | S fuel =>
    '(failed, l, w) ← open_once flags l w;
    if failed : bool then Ok (true, l, w)
    else
      size ← found_size l w;
      match size with
      | None => Ok (false, l, w)
      | Some size => '(l, w) ← reset_sizes size l w; open_fuel fuel open_no_create l w
      end
  end.
Definition open (flags : Z) (l : file_list) (w : world) : res (bool * file_list * world) := open_fuel 2 flags l w.
Definition reset_filesize (size : Z) (l : file_list) (w : world) : res (bool * file_list * world) :=
  '(l, w) ← reset_sizes size l w; open open_no_create l w.

Fixpoint paths_loop (ids : list nat) (lastPath : Path) (l : file_list) (w : world) : res (bool * file_list) :=
  match ids with
  | [] => Ok (false, l)
  | id :: ids =>
    f ← get_file id w;
    if is_open f then paths_loop ids lastPath l w
    else if (length (m_path f) =? 0)%nat then Ok (true, l)
    else
      let '(l, failed) := make_directory (m_path f) (common (m_path f) lastPath) l in
      if failed : bool then Ok (true, l) else paths_loop ids (m_path f) l w
  end.
(** [None]: not open; the flag tells of a storage error. *)
Definition make_all_paths (l : file_list) (w : world) : res (option bool * file_list) :=
  if negb (m_is_open l) then Ok (None, l) else '(failed, l) ← paths_loop (fl l) [] l w; Ok (Some failed, l).

(** ** Mapping chunks *)

(** A part of a chunk: the file, the place in it, the place in the chunk, its
    size. *)
Record chunk_part := Part { p_file : nat; p_file_offset : Z; p_position : Z; p_size : Z }.

(** [SocketFile::create_chunk]; the size of the mapping, if there is one *)
Definition socket_create_chunk (fd offset length prot : Z) : res (option Z) :=
  _ ← throw_when (fd =? -1) internal_error;
  let size := env_size (fs_files env) fd in
  if (length =? 0) || (size <? offset) || (size <? u64 (offset + length)) then Ok None
  else
    let page_size := fs_page_size env in
    _ ← ub_when (page_size =? 0);
    let align := offset mod page_size in
    _ ← throw_when ((page_size <? 4096) || (2 ^ 18 <=? page_size)) internal_error;
    _ ← throw_when (page_size <=? align) internal_error;
    Ok (if fs_mmap env fd (offset - align) (length + align) prot then Some length else None).

Definition create_chunk_part (id : nat) (offset length prot : Z) (w : world) : res (option Z * world) :=
  f ← get_file id w;
  let offset := u64 (offset - m_offset f) in
  let length := u32 (Z.min length (u64 (m_size f - offset))) in
  if is_padding f then Ok (if fs_mmap_anon env length prot then Some length else None, w)
  else
    _ ← throw_when (2 ^ 63 <=? offset) internal_error;
    '(done, w) ← prepare (fs_files env) id prot 0 w;
    if negb done then Ok (None, w)
    else
      f ← get_file id w;
      mc ← socket_create_chunk (m_fd f) offset length prot;
      match mc with
      | None => Ok (None, w)
      | Some size =>
        _ ← throw_when (size =? 0) internal_error;
        _ ← throw_when (length <? size) internal_error;
        Ok (Some size, w)
      end.

(** The parts, with the size of the chunk so far; [None] when a part fails. *)
Fixpoint chunk_loop (ids : list nat) (offset length prot position : Z) (parts : list chunk_part) (w : world) : res (option (list chunk_part) * world) :=
  if length =? 0 then Ok (Some parts, w)
  else
    match ids with
    | [] => Throw internal_error
    | id :: ids =>
      f ← get_file id w;
      if m_size f =? 0 then chunk_loop ids offset length prot position parts w
      else
        '(mc, w) ← create_chunk_part id offset length prot w;
        match mc with
        | None => Ok (None, w)
        | Some size =>
          f ← get_file id w;
          let part := Part id (u64 (offset - m_offset f)) position size in
          chunk_loop ids (u64 (offset + size)) (u32 (length - size)) prot (u32 (position + size)) (parts ++ [part]) w
        end
    end.

Fixpoint find_position (offset : Z) (ids : list nat) (w : world) : res (list nat) :=
  match ids with
  | [] => Ok []
  | id :: rest => f ← get_file id w; if is_valid_position offset f then Ok ids else find_position offset rest w
  end.

Definition create_chunk (offset length prot : Z) (l : file_list) (w : world) : res (option (list chunk_part) * world) :=
  _ ← throw_when (m_torrent_size l <? u64 (offset + length)) internal_error;
  ids ← find_position offset (fl l) w;
  '(parts, w) ← chunk_loop ids offset length prot 0 [] w;
  Ok (match parts with Some [] => None | _ => parts end, w).

Definition create_chunk_index (index prot : Z) (l : file_list) (w : world) : res (option (list chunk_part) * world) :=
  size ← chunk_index_size index l; create_chunk (u64 (index * m_chunk_size l)) size prot l w.

(** ** Counting the chunks that are done *)

(** [std::find_if] over the files from a position on, to the first that ends
    after the index *)
Fixpoint find_after (index : Z) (steps itr : nat) (l : file_list) (w : world) : res nat :=
  match steps with
  | O => Ok itr
  | S steps => f ← file_at itr l w; if index <? range_second f then Ok itr else find_after index steps (S itr) l w
  end.

Fixpoint inc_loop (steps itr : nat) (l : file_list) (w : world) : res world :=
  match steps with O => Ok w | S steps => w ← update_at itr inc_completed_protected l w; inc_loop steps (S itr) l w end.

Definition inc_completed (firstItr : nat) (index : Z) (l : file_list) (w : world) : res (nat * world) :=
  firstItr ← find_after index (length (fl l) - firstItr) firstItr l w;
  lastItr ← find_after (u32 (index + 1)) (length (fl l) - firstItr) firstItr l w;
  _ ← throw_when (firstItr =? length (fl l))%nat internal_error;
  let stop := if (lastItr =? length (fl l))%nat then lastItr else S lastItr in
  w ← inc_loop (stop - firstItr) firstItr l w;
  Ok (lastItr, w).

Definition mark_completed (index : Z) (l : file_list) (w : world) : res (file_list * world) :=
  _ ← throw_when ((size_chunks l <=? index) || (size_chunks l <=? completed_chunks l)) internal_error;
  _ ← throw_when (Bitfield.empty (bitfield l)) internal_error;
  _ ← throw_when (negb (Bitfield.size_bits (bitfield l) =? size_chunks l)) internal_error;
  done ← Bitfield.get (bitfield l) index;
  _ ← throw_when done internal_error;
  _ ← throw_when (Bitfield.size_bits (bitfield l) <=? Bitfield.size_set (bitfield l)) internal_error;
  b ← Bitfield.set (bitfield l) index;
  let l := set_data (set_bitfield b (m_data l)) l in
  '(_, w) ← inc_completed 0 index l w;
  if Ranges.has index (m_normal_priority (m_data l)) || Ranges.has index (m_high_priority (m_data l)) then
    _ ← throw_when (m_wanted_chunks (m_data l) =? 0) internal_error;
    Ok (set_data (set_wanted_chunks (u32 (m_wanted_chunks (m_data l) - 1)) (m_data l)) l, w)
  else Ok (l, w).

Fixpoint set_all_completed (count : File -> Z) (ids : list nat) (w : world) : res world :=
  match ids with [] => Ok w | id :: ids => f ← get_file id w; set_all_completed count ids (set_file id (set_completed_protected (count f) f) w) end.

Fixpoint completed_loop (steps : nat) (index : Z) (entryItr : nat) (l : file_list) (w : world) : res world :=
  match steps with
  | O => Ok w
  | S steps =>
    done ← Bitfield.get (bitfield l) index;
    if done : bool then '(entryItr, w) ← inc_completed entryItr index l w; completed_loop steps (u32 (index + 1)) entryItr l w
    else completed_loop steps (u32 (index + 1)) entryItr l w
  end.

Definition update_completed (l : file_list) (w : world) : res (file_list * world) :=
  cleared ← Bitfield.is_tail_cleared (bitfield l);
  _ ← throw_when (negb cleared) internal_error;
  d ← update_wanted_chunks (m_data l);
  let l := set_data d l in
  if Bitfield.is_all_set (bitfield l) then w ← set_all_completed File.size_chunks (fl l) w; Ok (l, w)
  else
    w ← set_all_completed (fun _ => 0) (fl l) w;
    if Bitfield.is_all_unset (bitfield l) then Ok (l, w)
    else w ← completed_loop (Z.to_nat (Bitfield.size_bits (bitfield l))) 0 0 l w; Ok (l, w).

(** ** Priorities *)

Fixpoint priority_loop (ids : list nat) (high normal : Ranges.ranges) (w : world) : res (Ranges.ranges * Ranges.ranges) :=
  match ids with
  | [] => Ok (high, normal)
  | id :: ids =>
    f ← get_file id w;
    match m_priority f with
    | PRIORITY_OFF => priority_loop ids high normal w
    | PRIORITY_HIGH => priority_loop ids (Ranges.insert (m_range f) high) normal w
    | PRIORITY_NORMAL =>
      let '(first, second) := m_range f in
      let take_first := has_flags flag_prioritize_first f && negb (first =? second) in
      let high := if take_first then Ranges.insert (first, u32 (first + 1)) high else high in
      let first := if take_first then u32 (first + 1) else first in
      let take_last := has_flags flag_prioritize_last f && negb (first =? second) in
      let high := if take_last then Ranges.insert (u32 (second - 1), second) high else high in
      let second := if take_last then u32 (second - 1) else second in
      priority_loop ids high (Ranges.insert (first, second) normal) w
    end
  end.

(** What [receive_update_priorities] does to the data of the download. *)
Definition update_priorities (l : file_list) (w : world) : res file_list :=
  '(high, normal) ← priority_loop (fl l) [] [] w;
  d ← update_wanted_chunks (set_priorities high normal (m_data l));
  Ok (set_data d l).
End list.

(** ** The layout of the files *)

Definition ceil_div (n d : Z) : Z := (n + d - 1) / d.

Definition range_of (cs off size : Z) : Z * Z := if size =? 0 then (off / cs, off / cs) else (off / cs, ceil_div (off + size) cs).

(** The files follow each other from [off] on. *)
Fixpoint placed (cs off : Z) (fs : list File) : Prop :=
  match fs with
  | [] => True
  | f :: fs => m_offset f = off /\ 0 <= m_size f /\ m_range f = range_of cs off (m_size f) /\ placed cs (off + m_size f) fs
  end.

Fixpoint total (fs : list File) : Z := match fs with [] => 0 | f :: fs => m_size f + total fs end.

Definition loaded (w : world) (ids : list nat) (fs : list File) : Prop := Forall2 (fun id f => w_files w !! id = Some f) ids fs.

(** Sizes that the code can count with: chunks of a file are 32-bit numbers. *)
Definition sizes_ok (torrent cs : Z) : Prop := 0 <= torrent < 2 ^ 60 /\ 0 < cs < 2 ^ 32 /\ ceil_div torrent cs <= 2 ^ 32 - 8.

Record layout (l : file_list) (w : world) (fs : list File) : Prop := {
  ly_files : loaded w (fl l) fs;
  ly_nodup : NoDup (fl l);
  ly_placed : placed (m_chunk_size l) 0 fs;
  ly_total : total fs = m_torrent_size l;
  ly_sizes : sizes_ok (m_torrent_size l) (m_chunk_size l);
  ly_chunks : size_chunks l = ceil_div (m_torrent_size l) (m_chunk_size l);
}.

Lemma total_app fs gs : total (fs ++ gs) = total fs + total gs.
Proof. induction fs as [|f fs IH]; cbn; [done|]. rewrite IH. lia. Qed.

Lemma placed_app cs off fs gs : placed cs off (fs ++ gs) <-> placed cs off fs /\ placed cs (off + total fs) gs.
Proof.
  revert off. induction fs as [|f fs IH]; intros off; cbn; [by rewrite Z.add_0_r; tauto|]. rewrite IH.
  replace (off + m_size f + total fs) with (off + (m_size f + total fs)) by lia. tauto.
Qed.

Lemma placed_nonneg cs off fs : placed cs off fs -> 0 <= total fs.
Proof. revert off. induction fs as [|f fs IH]; intros off; cbn; [done|]. intros (_ & H & _ & Hp). apply IH in Hp. lia. Qed.

Lemma ceil_div_mono a b d : 0 < d -> a <= b -> ceil_div a d <= ceil_div b d.
Proof. intros Hd Hab. unfold ceil_div. apply Z.div_le_mono; lia. Qed.

Lemma ceil_div_nonneg a d : 0 < d -> 0 <= a -> 0 <= ceil_div a d.
Proof. intros Hd Ha. unfold ceil_div. apply Z.div_pos; lia. Qed.

Lemma floor_le_ceil a d : 0 < d -> a / d <= ceil_div a d.
Proof. intros Hd. unfold ceil_div. apply Z.div_le_mono; lia. Qed.

(** [set_range] computes the range at no loss. *)
Lemma set_range_eq torrent cs f : sizes_ok torrent cs -> 0 <= m_offset f -> 0 <= m_size f -> m_offset f + m_size f <= torrent ->
  m_range (set_range cs f) = range_of cs (m_offset f) (m_size f).
Proof.
  intros (Ht & Hc & Hn) Ho Hs Hle. unfold set_range, range_of. cbn [put_range m_range]. rewrite (proj2 (Z.eqb_neq cs 0)) by lia.
  pose proof (ceil_div_mono (m_offset f) torrent cs ltac:(lia) ltac:(lia)). pose proof (floor_le_ceil (m_offset f) cs ltac:(lia)).
  pose proof (ceil_div_mono (m_offset f + m_size f) torrent cs ltac:(lia) ltac:(lia)). pose proof (ceil_div_nonneg (m_offset f + m_size f) cs ltac:(lia) ltac:(lia)).
  assert (0 <= m_offset f / cs) by (apply Z.div_pos; lia). rewrite (u32_small (m_offset f / cs)) by lia.
  destruct (m_size f =? 0); [done|]. rewrite u64_small by lia. f_equal. apply u32_small. unfold ceil_div in *. lia.
Qed.

Lemma loaded_length w ids fs : loaded w ids fs -> length ids = length fs.
Proof. apply Forall2_length. Qed.

Lemma loaded_lookup w ids fs i id : loaded w ids fs -> ids !! i = Some id -> exists f, fs !! i = Some f /\ w_files w !! id = Some f.
Proof. intros Hl Hi. destruct (Forall2_lookup_l _ _ _ _ _ Hl Hi) as (f & Hf & H). by exists f. Qed.

Lemma loaded_file_at w l fs i f : loaded w (fl l) fs -> fs !! i = Some f -> exists id, fl l !! i = Some id /\ w_files w !! id = Some f /\ file_at i l w = Ok f.
Proof.
  intros Hl Hf. destruct (Forall2_lookup_r _ _ _ _ _ Hl Hf) as (id & Hi & H). exists id. split_and!; [done|done|].
  unfold file_at. rewrite Hi. cbn [of_deref mbind res_bind]. by apply get_file_eq.
Qed.

(** Writing to a file of a list that has it once. *)
Lemma loaded_insert w ids fs i id g : loaded w ids fs -> NoDup ids -> ids !! i = Some id -> loaded (set_file id g w) ids (<[i := g]> fs).
Proof.
  intros Hl Hd Hi. apply Forall2_same_length_lookup_2; [by rewrite length_insert; apply Forall2_length in Hl|].
  intros j jd f Hj Hf. cbn. destruct (decide (i = j)) as [<-|Hne].
  - assert (jd = id) as -> by congruence. rewrite list_lookup_insert_eq in Hf by (apply lookup_lt_Some in Hj; by rewrite <- (loaded_length _ _ _ Hl)).
    injection Hf as <-. apply lookup_insert_eq.
  - rewrite list_lookup_insert_ne in Hf by done. rewrite lookup_insert_ne; [|intros <-; by apply Hne, (NoDup_lookup ids i j id)].
    by destruct (loaded_lookup w ids fs j jd Hl Hj) as (f' & Hf' & Hw); assert (f' = f) as -> by congruence.
Qed.

Lemma update_at_ok w l fs i f g : loaded w (fl l) fs -> NoDup (fl l) -> fs !! i = Some f ->
  exists id, fl l !! i = Some id /\ update_at i g l w = Ok (set_file id (g f) w) /\ loaded (set_file id (g f) w) (fl l) (<[i := g f]> fs).
Proof.
  intros Hl Hd Hf. destruct (loaded_file_at w l fs i f Hl Hf) as (id & Hi & Hw & _). exists id. split_and!; [done| |by apply loaded_insert].
  unfold update_at. rewrite Hi. cbn [of_deref mbind res_bind]. by rewrite (get_file_eq id w f Hw).
Qed.

(** Changes that keep the place of a file keep the layout. *)
Definition keeps_place (f g : File) : Prop := m_offset g = m_offset f /\ m_size g = m_size f /\ m_range g = m_range f /\ m_fd g = m_fd f.

Lemma placed_keeps cs off fs gs : Forall2 keeps_place fs gs -> placed cs off fs -> placed cs off gs.
Proof.
  intros H. revert off. induction H as [|f g fs gs (H1 & H2 & H3 & _) _ IH]; intros off; cbn; [done|]. rewrite H1, H2, H3. intros (? & ? & ? & ?). split_and!; try done. by apply IH.
Qed.

Lemma total_keeps fs gs : Forall2 keeps_place fs gs -> total gs = total fs.
Proof. induction 1 as [|f g fs gs (_ & H2 & _) _ IH]; cbn; [done|]. lia. Qed.

Lemma keeps_place_insert fs i f g : fs !! i = Some f -> keeps_place f g -> Forall2 keeps_place fs (<[i := g]> fs).
Proof.
  intros Hf Hk. apply Forall2_same_length_lookup_2; [by rewrite length_insert|]. intros j a b Ha Hb. destruct (decide (i = j)) as [<-|Hne].
  - rewrite list_lookup_insert_eq in Hb by (by eapply lookup_lt_Some). simplify_eq. congruence.
  - rewrite list_lookup_insert_ne in Hb by done. assert (a = b) as -> by congruence. done.
Qed.

(** ** New files *)

Lemma add_file_ok f w : exists id, add_file f w = (id, set_file id f w) /\ w_files w !! id = None.
Proof. exists (fresh (dom (w_files w))). split; [done|]. apply not_elem_of_dom, is_fresh. Qed.

Lemma loaded_other w ids fs id f : loaded w ids fs -> id ∉ ids -> loaded (set_file id f w) ids fs.
Proof.
  intros Hl Hni. apply Forall2_same_length_lookup_2; [by apply Forall2_length in Hl|]. intros j jd g Hj Hg. cbn.
  destruct (loaded_lookup w ids fs j jd Hl Hj) as (g' & Hg' & Hw). assert (g' = g) as -> by congruence. rewrite lookup_insert_ne; [done|].
  intros ->. apply Hni. by eapply list_elem_of_lookup_2.
Qed.

Lemma loaded_exists w ids fs id : loaded w ids fs -> id ∈ ids -> is_Some (w_files w !! id).
Proof. intros Hl (i & Hi)%list_elem_of_lookup. destruct (loaded_lookup w ids fs i id Hl Hi) as (f & _ & ->). by eexists. Qed.

Definition split_sum (splits : list (Z * Path * Z)) : Z := foldr (fun s acc => s.1.1 + acc) 0 splits.

(** What a split asks of a new file. *)
Definition made_of (s : Z * Path * Z) (f : File) : Prop :=
  m_size f = s.1.1 /\ m_path f = s.1.2 /\ m_fd f = -1 /\ m_completed f = 0 /\ m_flags f = Z.land s.2 user_flags /\ m_priority f = PRIORITY_NORMAL /\
  m_match_depth_prev f = 0 /\ m_match_depth_next f = 0.

Lemma split_sum_nonneg splits : Forall (fun s => 0 <= s.1.1) splits -> 0 <= split_sum splits.
Proof. induction 1 as [|s splits Hs _ IH]; cbn; [done|]. unfold split_sum in IH. lia. Qed.

Lemma split_files_ok torrent cs splits : sizes_ok torrent cs -> forall off w, 0 <= off -> off + split_sum splits <= torrent -> Forall (fun s => 0 <= s.1.1) splits ->
  exists ids fs w', new_files cs off splits w = (ids, off + split_sum splits, w') /\ loaded w' ids fs /\ NoDup ids /\
    (forall id, id ∈ ids -> w_files w !! id = None) /\ (forall id, id ∉ ids -> w_files w' !! id = w_files w !! id) /\
    placed cs off fs /\ total fs = split_sum splits /\ Forall2 made_of splits fs.
Proof.
  intros Hs. induction splits as [|[[size path] flags] splits IH]; intros off w Hoff Hle Hpos; cbn [new_files].
  { exists [], [], w. cbn. rewrite Z.add_0_r. split_and!; first [done|apply NoDup_nil_2|by intros ? ?%elem_of_nil|by apply Forall2_nil]. }
  apply Forall_cons in Hpos as [Hsz Hpos]. cbn in Hsz. pose proof (split_sum_nonneg splits Hpos) as Hnn. change (split_sum ((size, path, flags) :: splits)) with (size + split_sum splits) in *.
  set (f := set_flags flags _). destruct (add_file_ok f w) as (id & -> & Hnew). pose proof Hs as (Ht & _).
  rewrite u64_small by lia. destruct (IH (off + size) (set_file id f w)) as (ids & fs & w' & -> & H1 & H2 & H3 & H4 & H5 & H6 & H7); [lia|lia|done|].
  assert (Hni : id ∉ ids) by (intros Hid; apply H3 in Hid; cbn in Hid; by rewrite lookup_insert_eq in Hid).
  exists (id :: ids), (f :: fs), w'. split_and!.
  - f_equal. f_equal. lia.
  - constructor; [|done]. rewrite H4 by done. apply lookup_insert_eq.
  - by constructor.
  - intros j [->|Hj]%elem_of_cons; [done|]. apply H3 in Hj. cbn in Hj. rewrite lookup_insert_None in Hj. by destruct Hj.
  - intros j [Hne Hj]%not_elem_of_cons. rewrite H4 by done. cbn. by rewrite lookup_insert_ne.
  - cbn [placed]. split_and!; [done|done| |done]. change (m_range f) with (m_range (set_range cs (set_size_bytes size (set_offset off new_file)))).
    by rewrite (set_range_eq torrent) by (done || cbn; lia).
  - cbn [total]. change (m_size f) with size. lia.
  - constructor; [|done]. unfold made_of. cbn. split_and!; done.
Qed.

(** ** Splitting a file *)

Lemma update_side w l fs i (b : bool) g : loaded w (fl l) fs -> NoDup (fl l) -> (b = false -> is_Some (fs !! i)) -> (forall f, keeps_place f (g f)) ->
  exists w' fs', (if b then Ok w else update_at i g l w) = Ok w' /\ loaded w' (fl l) fs' /\ Forall2 keeps_place fs fs' /\
    (forall j, b = true \/ j <> i -> fs' !! j = fs !! j) /\ (forall id, id ∉ fl l -> w_files w' !! id = w_files w !! id).
Proof.
  intros Hl Hd Hb Hg. destruct b; [exists w, fs; split_and!; try done; by apply Forall2_same_length_lookup_2; [|intros j a c Ha Hc; assert (a = c) as -> by congruence]|].
  destruct (Hb eq_refl) as (f & Hf). destruct (update_at_ok w l fs i f g Hl Hd Hf) as (id & Hi & -> & Hl'). exists (set_file id (g f) w), (<[i := g f]> fs).
  split_and!; [done|done|by eapply keeps_place_insert|intros j [?|Hj]; [done|]; by rewrite list_lookup_insert_ne|]. intros j Hj. cbn. rewrite lookup_insert_ne; [done|].
  intros <-. apply Hj. by eapply list_elem_of_lookup_2.
Qed.

Lemma loaded_ext w w' ids fs : loaded w ids fs -> (forall id, id ∈ ids -> w_files w' !! id = w_files w !! id) -> loaded w' ids fs.
Proof.
  intros Hl He. apply Forall2_same_length_lookup_2; [by apply Forall2_length in Hl|]. intros j jd g Hj Hg.
  destruct (loaded_lookup w ids fs j jd Hl Hj) as (g' & Hg' & Hw). rewrite He by (by eapply list_elem_of_lookup_2). congruence.
Qed.

Lemma file_destroy_ok id f w : w_files w !! id = Some f -> is_open f = false -> destroy id w = Ok (set_files (delete id (w_files w)) w).
Proof. intros Hf Ho. unfold destroy. rewrite (get_file_eq id w f Hf). cbn [mbind res_bind]. by rewrite Ho, orb_true_r. Qed.

Lemma keeps_place_refl fs : Forall2 keeps_place fs fs.
Proof. apply Forall2_same_length_lookup_2; [done|]. intros j a c Ha Hc. assert (a = c) as -> by congruence. done. Qed.

Lemma keeps_place_trans fs gs hs : Forall2 keeps_place fs gs -> Forall2 keeps_place gs hs -> Forall2 keeps_place fs hs.
Proof.
  intros H1. revert hs. induction H1 as [|f g fs gs (A1 & A2 & A3 & A4) _ IH]; intros hs H2; inversion H2 as [|? h ? hs' (B1 & B2 & B3 & B4) H2']; subst; constructor; [|by apply IH].
  unfold keeps_place. split_and!; congruence.
Qed.

(** A layout around a file that is replaced by others of the same size. *)
Lemma layout_replace l w w' fs p f ids news pre post : layout l w fs -> fs !! p = Some f -> loaded w' (take p (fl l)) pre -> loaded w' ids news -> loaded w' (drop (S p) (fl l)) post ->
  Forall2 keeps_place (take p fs) pre -> Forall2 keeps_place (drop (S p) fs) post -> NoDup ids -> (forall id, id ∈ ids -> id ∉ fl l) ->
  placed (m_chunk_size l) (m_offset f) news -> total news = m_size f ->
  layout (set_fl (take p (fl l) ++ ids ++ drop (S p) (fl l)) l) w' (pre ++ news ++ post).
Proof.
  intros [L1 L2 L3 L4 L5 L6] Hf H1 H2 H3 K1 K3 Hd Hni Hp Ht. rewrite <- (take_drop_middle fs p f Hf) in L3, L4.
  apply placed_app in L3 as [P1 P2]. cbn [placed] in P2. destruct P2 as (P2 & P3 & P4 & P5). rewrite Z.add_0_l in P2, P5. rewrite total_app in L4. cbn [total] in L4.
  pose proof (total_keeps _ _ K1) as T1. pose proof (total_keeps _ _ K3) as T3.
  constructor; [| | | |done|done].
  - apply Forall2_app; [done|]. by apply Forall2_app.
  - cbn. destruct (lookup_lt_is_Some_2 (fl l) p) as (id & Hid); [rewrite (loaded_length _ _ _ L1); by eapply lookup_lt_Some|].
    rewrite <- (take_drop_middle (fl l) p id Hid) in L2. apply NoDup_app in L2 as (N1 & N2 & N3). apply NoDup_cons in N3 as [N4 N3].
    apply NoDup_app. split_and!; [done| |].
    + intros x Hx [Hx'|Hx']%elem_of_app; [|by apply (N2 x Hx); right]. apply (Hni x Hx'). eapply elem_of_submseteq; [exact Hx|apply sublist_submseteq, sublist_take].
    + apply NoDup_app. split_and!; [done| |done]. intros x Hx Hx'. apply (Hni x Hx). eapply elem_of_submseteq; [exact Hx'|apply sublist_submseteq, sublist_drop].
  - cbn [set_fl m_chunk_size]. apply placed_app. split; [by eapply placed_keeps|]. rewrite T1, Z.add_0_l. apply placed_app. split; [by rewrite <- P2|].
    rewrite Ht. by eapply placed_keeps.
  - cbn [set_fl m_torrent_size]. rewrite !total_app. lia.
Qed.

Lemma split_ok l w fs p splits f : layout l w fs -> m_is_open l = false -> fs !! p = Some f -> is_open f = false -> splits <> [] ->
  Forall (fun s => 0 <= s.1.1) splits -> split_sum splits = m_size f ->
  exists l' w' pre news post, split p splits l w = Ok (p, (p + length splits)%nat, l', w') /\ layout l' w' (pre ++ news ++ post) /\
    Forall2 keeps_place (take p fs) pre /\ Forall2 made_of splits news /\ Forall2 keeps_place (drop (S p) fs) post /\ l' = set_fl (fl l') l.
Proof.
  intros Hly Ho Hf Hcl Hne Hpos Hsum. pose proof Hly as [L1 L2 L3 L4 L5 L6]. pose proof (loaded_length _ _ _ L1) as Hlen.
  pose proof (lookup_lt_Some _ _ _ Hf) as Hlt. unfold split. rewrite Ho. cbn [throw_when mbind res_bind].
  assert ((length splits =? 0)%nat || (p =? length (fl l))%nat = false) as ->.
  { apply orb_false_iff. split; apply Nat.eqb_neq; [by destruct splits|lia]. }
  cbn [throw_when mbind res_bind].
  destruct (update_side w l fs (p - 1) (p =? 0)%nat (set_match_depth_next 0) L1 L2) as (w1 & fs1 & -> & M1 & K1 & E1 & X1).
  { intros E. apply Nat.eqb_neq in E. apply lookup_lt_is_Some_2. lia. } { done. }
  cbn [mbind res_bind]. destruct (update_side w1 l fs1 (S p) (S p =? length (fl l))%nat (set_match_depth_prev 0) M1 L2) as (w2 & fs2 & -> & M2 & K2 & E2 & X2).
  { intros E. apply Nat.eqb_neq in E. apply lookup_lt_is_Some_2. rewrite <- (loaded_length _ _ _ M1). lia. } { done. }
  cbn [mbind res_bind]. pose proof (keeps_place_trans _ _ _ K1 K2) as K.
  assert (Hf2 : fs2 !! p = Some f).
  { rewrite E2, E1; [done| |right; lia]. destruct (p =? 0)%nat eqn:E0; [by left|right]. apply Nat.eqb_neq in E0. lia. }
  destruct (loaded_file_at w2 l fs2 p f M2 Hf2) as (id & Hid & Hw & _). rewrite Hid. cbn [of_deref mbind res_bind]. rewrite (get_file_eq id w2 f Hw). cbn [mbind res_bind].
  pose proof L3 as P. rewrite <- (take_drop_middle fs p f Hf) in P, L4. apply placed_app in P as [P1 P2]. cbn [placed] in P2. destruct P2 as (P2 & P3 & _ & P5).
  apply placed_nonneg in P1, P5. rewrite total_app in L4. cbn [total] in L4.
  destruct (split_files_ok (m_torrent_size l) (m_chunk_size l) splits L5 (m_offset f) w2) as (ids & news & w3 & -> & N1 & N2 & N3 & N4 & N5 & N6 & N7); [lia|lia|done|].
  destruct L5 as (Ht & Hrest). rewrite Hsum, u64_small, Z.eqb_refl by lia. cbn [negb throw_when mbind res_bind].
  assert (Hni : forall j, j ∈ ids -> j ∉ fl l).
  { intros j Hj Hj'. destruct (loaded_exists w2 (fl l) fs2 j M2 Hj') as (g & Hg). rewrite N3 in Hg by done. done. }
  assert (Hid' : id ∉ ids) by (intros Hj; apply (Hni id Hj); by eapply list_elem_of_lookup_2).
  rewrite (file_destroy_ok id f w3) by (by rewrite ?N4). cbn [mbind res_bind].
  assert (Hnid : forall j, j ∈ take p (fl l) \/ j ∈ drop (S p) (fl l) -> j <> id).
  { pose proof L2 as D. rewrite <- (take_drop_middle (fl l) p id Hid) in D. apply NoDup_app in D as (_ & D1 & D2). apply NoDup_cons in D2 as [D2 _].
    intros j [Hj|Hj] ->; [by apply (D1 id Hj); left|done]. }
  assert (Hsub : forall j, j ∈ take p (fl l) \/ j ∈ drop (S p) (fl l) -> j ∈ fl l).
  { intros j [Hj|Hj]; (eapply elem_of_submseteq; [exact Hj|apply sublist_submseteq; apply sublist_take || apply sublist_drop]). }
  assert (Hold : forall ks gs, loaded w2 ks gs -> (forall j, j ∈ ks -> j ∈ take p (fl l) \/ j ∈ drop (S p) (fl l)) -> loaded (set_files (delete id (w_files w3)) w3) ks gs).
  { intros ks gs Hks Hin. eapply loaded_ext; [exact Hks|]. intros j Hj. cbn. rewrite lookup_delete_ne by (intros <-; by apply (Hnid id); [apply Hin|]).
    apply N4. intros Hj'. apply (Hni j Hj'), Hsub, Hin, Hj. }
  eexists _, _, (take p fs2), news, (drop (S p) fs2). split; [reflexivity|].
  assert (Kt : Forall2 keeps_place (take p fs) (take p fs2)) by (by apply Forall2_take).
  assert (Kd : Forall2 keeps_place (drop (S p) fs) (drop (S p) fs2)) by (by apply Forall2_drop).
  split_and!; [|done|done|done|done]. eapply (layout_replace l w); try done.
  - apply Hold; [by apply Forall2_take|by left].
  - eapply loaded_ext; [exact N1|]. intros j Hj. cbn. rewrite lookup_delete_ne; [done|]. by intros <-.
  - apply Hold; [by apply Forall2_drop|by right].
  - congruence.
Qed.

(** ** Merging files *)

Lemma match_depth_at_ok w l fs i a b : loaded w (fl l) fs -> NoDup (fl l) -> fs !! i = Some a -> fs !! S i = Some b ->
  exists w', match_depth_at i l w = Ok w' /\
    loaded w' (fl l) (<[S i := snd (set_match_depth a b)]> (<[i := fst (set_match_depth a b)]> fs)) /\ (forall id, id ∉ fl l -> w_files w' !! id = w_files w !! id).
Proof.
  intros Hl Hd Ha Hb. unfold match_depth_at. destruct (loaded_file_at w l fs i a Hl Ha) as (ia & Hia & _ & ->), (loaded_file_at w l fs (S i) b Hl Hb) as (ib & Hib & _ & ->).
  cbn [mbind res_bind]. destruct (update_at_ok w l fs i a (fun _ => fst (set_match_depth a b)) Hl Hd Ha) as (ia' & Hia' & -> & H1). cbn [mbind res_bind].
  set (w1 := set_file ia' _ w) in *. assert (Hb1 : (<[i := fst (set_match_depth a b)]> fs) !! S i = Some b) by (rewrite list_lookup_insert_ne by lia; done).
  destruct (update_at_ok w1 l _ (S i) b (fun _ => snd (set_match_depth a b)) H1 Hd Hb1) as (ib' & Hib' & -> & H2). eexists. split_and!; [reflexivity|done|].
  intros id Hid. cbn. rewrite !lookup_insert_ne; [done|intros <-..]; apply Hid; by eapply list_elem_of_lookup_2.
Qed.

Lemma match_depth_keeps (fs : list File) i a b : fs !! i = Some a -> fs !! S i = Some b ->
  Forall2 keeps_place fs (<[S i := snd (set_match_depth a b)]> (<[i := fst (set_match_depth a b)]> fs)).
Proof.
  intros Ha Hb. apply (keeps_place_trans _ (<[i := fst (set_match_depth a b)]> fs)); [by apply (keeps_place_insert fs i a)|].
  apply (keeps_place_insert _ (S i) b); [by rewrite list_lookup_insert_ne by lia|done].
Qed.

(** The depths of a new file and its neighbours *)
Lemma merge_depths w l fs p : loaded w (fl l) fs -> NoDup (fl l) -> (p < length fs)%nat ->
  exists w' fs', merge_match p l w = Ok w' /\ loaded w' (fl l) fs' /\ Forall2 keeps_place fs fs'.
Proof.
  unfold merge_match. intros Hl Hd Hp. assert (Hstep : forall w fs, loaded w (fl l) fs -> length fs = length (fl l) -> forall i, (S i < length fs)%nat -> exists w' fs',
      match_depth_at i l w = Ok w' /\ loaded w' (fl l) fs' /\ Forall2 keeps_place fs fs').
  { intros w0 fs0 H0 _ i Hi. destruct (lookup_lt_is_Some_2 fs0 i ltac:(lia)) as (a & Ha), (lookup_lt_is_Some_2 fs0 (S i) Hi) as (b & Hb).
    destruct (match_depth_at_ok w0 l fs0 i a b H0 Hd Ha Hb) as (w' & -> & H1 & _). eexists _, _. split_and!; [reflexivity|exact H1|by apply match_depth_keeps]. }
  assert (Hside : forall w fs g, loaded w (fl l) fs -> length fs = length (fl l) -> (forall f, keeps_place f (g f)) -> exists w' fs',
      update_at p g l w = Ok w' /\ loaded w' (fl l) fs' /\ Forall2 keeps_place fs fs').
  { intros w0 fs0 g H0 Hlen Hg. destruct (lookup_lt_is_Some_2 fs0 p) as (f & Hf); [rewrite Hlen, (loaded_length _ _ _ Hl); done|].
    destruct (update_at_ok w0 l fs0 p f g H0 Hd Hf) as (id & _ & -> & H1). eexists _, _. split_and!; [reflexivity|exact H1|by eapply keeps_place_insert]. }
  pose proof (loaded_length _ _ _ Hl) as Hlen.
  assert (exists w1 fs1, (if (p =? 0)%nat then update_at p (set_match_depth_prev 0) l w else match_depth_at (p - 1) l w) = Ok w1 /\ loaded w1 (fl l) fs1 /\ Forall2 keeps_place fs fs1)
    as (w1 & fs1 & -> & H1 & K1).
  { destruct (p =? 0)%nat eqn:E; [by apply Hside|]. apply Nat.eqb_neq in E. apply Hstep; [done|done|lia]. }
  cbn [mbind res_bind]. pose proof (loaded_length _ _ _ H1) as Hlen1.
  assert (exists w2 fs2, (if (S p =? length (fl l))%nat then update_at p (set_match_depth_next 0) l w1 else match_depth_at p l w1) = Ok w2 /\ loaded w2 (fl l) fs2 /\ Forall2 keeps_place fs1 fs2)
    as (w2 & fs2 & -> & H2 & K2).
  { destruct (S p =? length (fl l))%nat eqn:E; [by apply Hside|]. apply Nat.eqb_neq in E. apply Hstep; [done|done|lia]. }
  exists w2, fs2. split_and!; [done|done|by eapply keeps_place_trans].
Qed.

Lemma sum_sizes_ok ids : forall fs w size, loaded w ids fs -> Forall (fun f => 0 <= m_size f) fs -> 0 <= size -> size + total fs < 2 ^ 64 -> sum_sizes ids size w = Ok (size + total fs).
Proof.
  induction ids as [|id ids IH]; intros fs w size Hl Hpos Hs Hlt; inversion Hl as [|? f ? fs' Hf Hl']; subst; cbn [sum_sizes total]; [f_equal; lia|].
  rewrite (get_file_eq id w f Hf). cbn [mbind res_bind]. apply Forall_cons in Hpos as [Hf0 Hpos]. cbn [total] in Hlt.
  assert (0 <= total fs') by (clear -Hpos; induction Hpos; cbn; lia). rewrite u64_small by lia. rewrite (IH fs'); [f_equal; lia|done|done|lia|lia].
Qed.

Lemma destroy_all_ok ids : forall fs w, loaded w ids fs -> NoDup ids -> Forall (fun f => is_open f = false) fs ->
  exists w', destroy_all ids w = Ok w' /\ (forall id, id ∉ ids -> w_files w' !! id = w_files w !! id).
Proof.
  induction ids as [|id ids IH]; intros fs w Hl Hd Hc; inversion Hl as [|? f ? fs' Hf Hl']; subst; cbn [destroy_all]; [by exists w|].
  apply NoDup_cons in Hd as [Hni Hd]. apply Forall_cons in Hc as [Hc0 Hc]. rewrite (file_destroy_ok id f w Hf Hc0). cbn [mbind res_bind].
  destruct (IH fs' (set_files (delete id (w_files w)) w)) as (w' & -> & He); [|done|done|].
  - eapply loaded_ext; [exact Hl'|]. intros j Hj. cbn. rewrite lookup_delete_ne; [done|]. by intros <-.
  - exists w'. split; [done|]. intros j [Hne Hj]%not_elem_of_cons. rewrite He by done. cbn. by rewrite lookup_delete_ne.
Qed.

Lemma placed_sizes cs off fs : placed cs off fs -> Forall (fun f => 0 <= m_size f) fs.
Proof. revert off. induction fs as [|f fs IH]; intros off; cbn; [constructor|]. intros (_ & H & _ & Hp). constructor; [done|by eapply IH]. Qed.

Lemma placed_offset cs fs i f : placed cs 0 fs -> fs !! i = Some f -> m_offset f = total (take i fs).
Proof.
  intros Hp Hf. rewrite <- (take_drop_middle fs i f Hf) in Hp. apply placed_app in Hp as [_ Hp]. cbn [placed] in Hp. destruct Hp as (-> & _). lia.
Qed.

Lemma sublist_of_take_drop {A} (l : list A) i j : take i (drop j l) `sublist_of` l.
Proof. etrans; [apply sublist_take|apply sublist_drop]. Qed.

(** The list with a new file in the place of the files from [first] to [last]. *)
Definition merged_ids (first last : nat) (id : nat) (l : file_list) : list nat := take first (fl l) ++ id :: drop last (fl l).
Definition merged_file (f : File) (path : Path) (offset size : Z) : Prop :=
  m_offset f = offset /\ m_size f = size /\ m_path f = path /\ m_fd f = -1 /\ m_completed f = 0 /\ m_priority f = PRIORITY_NORMAL.

Lemma merge_create l w fs first last path : layout l w fs -> (first <= last <= length fs)%nat ->
  Forall (fun f => is_open f = false) (take (last - first) (drop first fs)) ->
  exists id f w', merge_new first last (set_path path new_file) l w = Ok (set_fl (merged_ids first last id l) l, w') /\
    (id ∉ fl l) /\ w_files w' !! id = Some f /\ merged_file f path (total (take first fs)) (total (take (last - first) (drop first fs))) /\
    (forall j, j ∈ take first (fl l) \/ j ∈ drop last (fl l) -> w_files w' !! j = w_files w !! j).
Proof.
  intros [L1 L2 L3 L4 L5 L6] Hr Hcl. pose proof (loaded_length _ _ _ L1) as Hlen. unfold merge_new. destruct (first =? last)%nat eqn:E.
  - apply Nat.eqb_eq in E. subst last. rewrite Nat.sub_diag. cbn [take total].
    assert (exists off, (if (first =? length (fl l))%nat then Ok (m_torrent_size l) else g ← file_at first l w; Ok (m_offset g)) = Ok off /\ off = total (take first fs)) as (off & -> & Eoff).
    { destruct (first =? length (fl l))%nat eqn:E; [apply Nat.eqb_eq in E|apply Nat.eqb_neq in E].
      - eexists. split; [reflexivity|]. rewrite take_ge by lia. done.
      - destruct (lookup_lt_is_Some_2 fs first ltac:(lia)) as (g & Hg). destruct (loaded_file_at w l fs first g L1 Hg) as (_ & _ & _ & ->). cbn [mbind res_bind].
        eexists. split; [reflexivity|]. by eapply placed_offset. }
    cbn [mbind res_bind]. destruct (add_file_ok (set_offset off (set_path path new_file)) w) as (id & -> & Hnew).
    assert (Hni : id ∉ fl l) by (intros Hid; destruct (loaded_exists _ _ _ _ L1 Hid) as (? & ?); congruence).
    eexists id, _, _. split; [reflexivity|]. split_and!; [done|cbn; apply lookup_insert_eq|by rewrite Eoff|].
    intros j Hj. cbn. rewrite lookup_insert_ne; [done|]. intros <-. apply Hni.
    destruct Hj as [Hj|Hj]; (eapply elem_of_submseteq; [exact Hj|apply sublist_submseteq; apply sublist_take || apply sublist_drop]).
  - apply Nat.eqb_neq in E. destruct (lookup_lt_is_Some_2 fs first ltac:(lia)) as (g & Hg). destruct (loaded_file_at w l fs first g L1 Hg) as (gid & Hgid & _ & ->).
    cbn [mbind res_bind]. set (ids := take (last - first) (drop first (fl l))). set (mid := take (last - first) (drop first fs)) in *.
    assert (Hmid : loaded w ids mid) by (by apply Forall2_take, Forall2_drop). pose proof (placed_sizes _ _ _ L3) as Hpos.
    assert (Hmp : Forall (fun f => 0 <= m_size f) mid) by (by apply Forall_take, Forall_drop).
    assert (Hle : 0 <= total mid <= m_torrent_size l).
    { rewrite <- L4, <- (take_drop first fs), total_app, <- (take_drop (last - first) (drop first fs)), total_app. fold mid.
      assert (forall gs, Forall (fun f => 0 <= m_size f) gs -> 0 <= total gs) as Hnn by (induction 1; cbn; lia).
      pose proof (Hnn _ Hmp). pose proof (Hnn _ (Forall_take _ first _ Hpos)). pose proof (Hnn _ (Forall_drop _ (last - first) _ (Forall_drop _ first _ Hpos))). lia. }
    destruct L5 as (Ht & Hc). rewrite (sum_sizes_ok ids mid w 0 Hmid Hmp) by lia. cbn [mbind res_bind]. rewrite Z.add_0_l.
    destruct (add_file_ok (set_size_bytes (total mid) (set_offset (m_offset g) (set_path path new_file))) w) as (id & -> & Hnew).
    assert (Hni : id ∉ fl l) by (intros Hid; destruct (loaded_exists _ _ _ _ L1 Hid) as (? & ?); congruence).
    set (f := set_size_bytes _ _). set (w1 := set_file id f w).
    assert (Hsub : forall j, j ∈ ids -> j ∈ fl l) by (intros j Hj; eapply elem_of_submseteq; [exact Hj|apply sublist_submseteq, sublist_of_take_drop]).
    assert (Hd : NoDup ids) by (eapply sublist_NoDup; [exact L2|apply sublist_of_take_drop]).
    destruct (destroy_all_ok (drop 1 ids ++ take 1 ids) (drop 1 mid ++ take 1 mid) w1) as (w' & -> & He).
    + assert (Hw1 : loaded w1 ids mid) by (apply loaded_other; [done|intros Hid; by apply Hni, Hsub]). apply Forall2_app; [by apply Forall2_drop|by apply Forall2_take].
    + by rewrite Permutation_app_comm, take_drop.
    + apply Forall_app. split; [by apply Forall_drop|by apply Forall_take].
    + cbn [mbind res_bind]. assert (He' : forall j, j ∉ ids -> w_files w' !! j = w_files w1 !! j).
      { intros j Hj. apply He. rewrite Permutation_app_comm, take_drop. done. }
      eexists id, f, w'. split; [reflexivity|]. split_and!; [done|rewrite He' by (intros Hid; by apply Hni, Hsub); cbn; apply lookup_insert_eq| |].
      * unfold merged_file, f. cbn. split_and!; try done. by eapply placed_offset.
      * intros j Hj. assert (Hjl : j ∈ fl l) by (destruct Hj as [Hj|Hj]; (eapply elem_of_submseteq; [exact Hj|apply sublist_submseteq; apply sublist_take || apply sublist_drop])).
        rewrite He'; [cbn; rewrite lookup_insert_ne; [done|]; by intros <-|].
        assert (Hsplit : fl l = take first (fl l) ++ ids ++ drop last (fl l)).
        { unfold ids. replace last with (first + (last - first))%nat at 2 by lia. rewrite <- drop_drop, !take_drop. done. }
        rewrite Hsplit in L2. apply NoDup_app in L2 as (_ & D1 & D2). apply NoDup_app in D2 as (_ & D2 & _).
        destruct Hj as [Hj|Hj]; [intros Hj'; apply (D1 j Hj), elem_of_app; by left|intros Hj'; by apply (D2 j Hj')].
Qed.

Lemma merge_ok l w fs first last path : layout l w fs -> (first <= last <= length fs)%nat ->
  Forall (fun f => is_open f = false) (take (last - first) (drop first fs)) ->
  exists l' w' fs' f, merge first last path l w = Ok (first, l', w') /\ layout l' w' fs' /\
    Forall2 keeps_place (take first fs ++ f :: drop last fs) fs' /\ merged_file f path (total (take first fs)) (total (take (last - first) (drop first fs))) /\ l' = set_fl (fl l') l.
Proof.
  intros Hly Hr Hcl. pose proof Hly as [L1 L2 L3 L4 L5 L6]. pose proof (loaded_length _ _ _ L1) as Hlen. unfold merge.
  rewrite (proj2 (Nat.ltb_ge last first)), (proj2 (Nat.ltb_ge (length (fl l)) last)) by lia. cbn [orb ub_when mbind res_bind].
  destruct (merge_create l w fs first last path Hly Hr Hcl) as (id & f & w1 & -> & Hni & Hf & Hmf & He). cbn [mbind res_bind].
  set (l1 := set_fl (merged_ids first last id l) l). pose proof Hmf as (F1 & F2 & _).
  assert (Hpre : loaded w1 (take first (fl l)) (take first fs)) by (eapply loaded_ext; [by apply Forall2_take|]; intros j Hj; apply He; by left).
  assert (Hpost : loaded w1 (drop last (fl l)) (drop last fs)) by (eapply loaded_ext; [by apply Forall2_drop|]; intros j Hj; apply He; by right).
  set (fs1 := take first fs ++ f :: drop last fs). assert (H1 : loaded w1 (fl l1) fs1) by (apply Forall2_app; [done|]; by constructor).
  assert (Hsplit : fl l = take first (fl l) ++ take (last - first) (drop first (fl l)) ++ drop last (fl l)).
  { replace last with (first + (last - first))%nat at 2 by lia. by rewrite <- drop_drop, !take_drop. }
  assert (Hd1 : NoDup (fl l1)).
  { cbn. unfold merged_ids. rewrite Hsplit in L2, Hni. apply NoDup_app in L2 as (D1 & D2 & D3). apply NoDup_app in D3 as (_ & _ & D3).
    rewrite !elem_of_app in Hni. apply NoDup_app. split_and!; [done| |constructor; [tauto|done]].
    intros x Hx [->|Hx']%elem_of_cons; [tauto|]. apply (D2 x Hx), elem_of_app. by right. }
  assert (Hlt : length (take first fs) = first) by (rewrite length_take; lia).
  assert (Hfi : fs1 !! first = Some f) by (unfold fs1; by rewrite lookup_app_r, Hlt, Nat.sub_diag by lia).
  destruct (update_at_ok w1 l1 fs1 first f (set_range (m_chunk_size l1)) H1 Hd1 Hfi) as (fid & _ & -> & H2). cbn [mbind res_bind].
  set (w2 := set_file fid _ w1) in *. set (g := set_range (m_chunk_size l1) f) in *.
  assert (Hfs2 : <[first := g]> fs1 = take first fs ++ g :: drop last fs) by (unfold fs1; rewrite insert_app_r_alt, Hlt, Nat.sub_diag by lia; done). rewrite Hfs2 in H2.
  destruct (merge_depths w2 l1 (take first fs ++ g :: drop last fs) first H2 Hd1) as (w3 & fs3 & -> & H3 & K3); [rewrite length_app, Hlt; cbn; lia|].
  cbn [mbind res_bind].
  eexists l1, w3, fs3, g. split; [reflexivity|]. pose proof L3 as P.
  assert (Hfs : fs = take first fs ++ take (last - first) (drop first fs) ++ drop last fs).
  { replace last with (first + (last - first))%nat at 2 by lia. by rewrite <- drop_drop, !take_drop. }
  rewrite Hfs in P, L4. apply placed_app in P as [P1 P2]. apply placed_app in P2 as [P2 P3]. rewrite !total_app in L4. rewrite Z.add_0_l in P2, P3.
  pose proof (placed_nonneg _ _ _ P1). pose proof (placed_nonneg _ _ _ P2). pose proof (placed_nonneg _ _ _ P3).
  split_and!; [|done| |done].
  - constructor; [done|done| | |done|done].
    + eapply placed_keeps; [exact K3|]. apply placed_app. split; [done|]. cbn [placed]. rewrite Z.add_0_l. change (m_offset g) with (m_offset f). change (m_size g) with (m_size f).
      rewrite F1, F2. split_and!; [done|done| |done]. unfold g. rewrite (set_range_eq (m_torrent_size l)) by (done || lia). by rewrite F1, F2.
    + rewrite (total_keeps _ _ K3), total_app. cbn [total]. change (m_size g) with (m_size f). rewrite F2. change (m_torrent_size l1) with (m_torrent_size l). lia.
  - exact Hmf.
Qed.

Lemma initialize_ok l w torrentSize chunkSize : fl l = [] -> Bitfield.empty (bitfield l) = true -> sizes_ok torrentSize chunkSize ->
  exists l' w' f, initialize torrentSize chunkSize l w = Ok (l', w') /\ layout l' w' [f] /\ m_size f = torrentSize /\ m_is_open l' = m_is_open l /\
    m_wanted_chunks (m_data l') = size_chunks l' /\ m_torrent_size l' = torrentSize /\ m_chunk_size l' = chunkSize /\ is_open f = false.
Proof.
  intros Hfl He Hs. pose proof Hs as (Ht & Hc & Hn). unfold initialize. rewrite (proj2 (Z.eqb_neq chunkSize 0)) by lia. cbn [throw_when mbind res_bind].
  unfold Bitfield.set_size_bits. change (bitfield (set_dirs _ _ (set_sizes torrentSize chunkSize l))) with (bitfield l). rewrite He. cbn [negb throw_when mbind res_bind].
  destruct (add_file_ok (set_range chunkSize (set_size_bytes torrentSize (set_offset 0 new_file))) w) as (id & -> & Hnew). cbn [mbind res_bind].
  pose proof (ceil_div_nonneg torrentSize chunkSize ltac:(lia) ltac:(lia)). eexists _, _, (set_range chunkSize (set_size_bytes torrentSize (set_offset 0 new_file))). split; [reflexivity|]. split_and!; [|reflexivity..].
  constructor; [| | | |done|].
  - cbn. rewrite Hfl. constructor; [|by apply Forall2_nil]. apply lookup_insert_eq.
  - cbn. rewrite Hfl. apply NoDup_singleton.
  - cbn [placed]. split_and!; [done|cbn; lia| |done]. by rewrite (set_range_eq torrentSize) by (done || cbn; lia).
  - cbn. lia.
  - cbn. rewrite u64_small by lia. rewrite u32_small; [done|]. unfold ceil_div in *. lia.
Qed.

(** ** Arranging the files of a closed list *)

Inductive arrangement :=
  | ASplit (position : nat) (splits : list (Z * Path * Z))
  | AMerge (first last : nat) (path : Path).

Definition arrange (a : arrangement) (l : file_list) (w : world) : res (file_list * world) :=
  match a with
  | ASplit position splits => '(_, _, l, w) ← split position splits l w; Ok (l, w)
  | AMerge first last path => '(_, l, w) ← merge first last path l w; Ok (l, w)
  end.

Fixpoint arrange_all (steps : list arrangement) (l : file_list) (w : world) : res (file_list * world) :=
  match steps with [] => Ok (l, w) | a :: steps => '(l, w) ← arrange a l w; arrange_all steps l w end.

(** A new list with a file of the size of the torrent, arranged. *)
Definition arranged (torrentSize chunkSize : Z) (steps : list arrangement) (w : world) : res (file_list * world) :=
  '(l, w) ← initialize torrentSize chunkSize new_list w; arrange_all steps l w.

(** What is asked of the sizes of the files alone: a file is split into sizes
    that add up to its own, and the files that are merged are there. *)
Definition allowed (a : arrangement) (sizes : list Z) : Prop :=
  match a with
  | ASplit position splits => splits <> [] /\ Forall (fun s => 0 <= s.1.1) splits /\ sizes !! position = Some (split_sum splits)
  | AMerge first last _ => (first <= last <= length sizes)%nat
  end.
Definition sizes_after (a : arrangement) (sizes : list Z) : list Z :=
  match a with
  | ASplit position splits => take position sizes ++ ((fun s => s.1.1) <$> splits) ++ drop (S position) sizes
  | AMerge first last _ => take first sizes ++ foldr Z.add 0 (take (last - first) (drop first sizes)) :: drop last sizes
  end.
Fixpoint all_arranged (steps : list arrangement) (sizes : list Z) : Prop :=
  match steps with [] => True | a :: steps => allowed a sizes /\ all_arranged steps (sizes_after a sizes) end.
Definition final_sizes (steps : list arrangement) (sizes : list Z) : list Z := foldl (fun s a => sizes_after a s) sizes steps.

Definition closed_list (l : file_list) (fs : list File) : Prop := m_is_open l = false /\ Forall (fun f => is_open f = false) fs.

Lemma keeps_sizes fs gs : Forall2 keeps_place fs gs -> m_size <$> gs = m_size <$> fs.
Proof. induction 1 as [|f g fs gs (_ & E & _) _ IH]; cbn; congruence. Qed.

Lemma keeps_closed fs gs : Forall2 keeps_place fs gs -> Forall (fun f => is_open f = false) fs -> Forall (fun f => is_open f = false) gs.
Proof. induction 1 as [|f g fs gs (_ & _ & _ & E) _ IH]; [done|]. intros [H1 H2]%Forall_cons. constructor; [|by apply IH]. unfold is_open in *. by rewrite E. Qed.

Lemma total_sizes fs : total fs = foldr Z.add 0 (m_size <$> fs).
Proof. induction fs as [|f fs IH]; cbn; [done|]. by rewrite IH. Qed.

Lemma arrange_ok a l w fs : layout l w fs -> closed_list l fs -> allowed a (m_size <$> fs) ->
  exists l' w' fs', arrange a l w = Ok (l', w') /\ layout l' w' fs' /\ closed_list l' fs' /\ m_size <$> fs' = sizes_after a (m_size <$> fs) /\
    m_torrent_size l' = m_torrent_size l /\ m_chunk_size l' = m_chunk_size l.
Proof.
  intros Hly [Ho Hcl] Ha. destruct a as [p splits|first last path]; cbn [arrange allowed sizes_after] in *.
  - destruct Ha as (Hne & Hpos & Hp). rewrite list_lookup_fmap in Hp. destruct (fs !! p) as [f|] eqn:Hf; [|done]. injection Hp as Hp.
    pose proof (proj1 (Forall_lookup _ _) Hcl p f Hf) as Hc.
    destruct (split_ok l w fs p splits f Hly Ho Hf Hc Hne Hpos (eq_sym Hp)) as (l' & w' & pre & news & post & Es & Hly' & K1 & M & K2 & El).
    rewrite Es. cbn [mbind res_bind]. exists l', w', (pre ++ news ++ post). split_and!; [done|done| | |by rewrite El|by rewrite El].
    + split; [by rewrite El|]. apply Forall_app. split; [eapply keeps_closed; [exact K1|by apply Forall_take]|].
      apply Forall_app. split; [|eapply keeps_closed; [exact K2|by apply Forall_drop]].
      clear -M. induction M as [|s f splits news (_ & _ & E & _) _ IH]; constructor; [unfold is_open; by rewrite E|done].
    + rewrite !fmap_app, (keeps_sizes _ _ K1), (keeps_sizes _ _ K2), fmap_take, fmap_drop. f_equal. f_equal.
      clear -M. induction M as [|s f splits news (E & _) _ IH]; cbn; congruence.
  - rewrite length_fmap in Ha. destruct (merge_ok l w fs first last path Hly Ha) as (l' & w' & fs' & f & Em & Hly' & K & Hm & El); [by apply Forall_take, Forall_drop|].
    rewrite Em. cbn [mbind res_bind]. exists l', w', fs'. split_and!; [done|done| | |by rewrite El|by rewrite El].
    + split; [by rewrite El|]. eapply keeps_closed; [exact K|]. apply Forall_app. split; [by apply Forall_take|]. constructor; [|by apply Forall_drop].
      destruct Hm as (_ & _ & _ & E & _). unfold is_open. by rewrite E.
    + rewrite (keeps_sizes _ _ K), fmap_app, fmap_take. cbn [fmap list_fmap]. rewrite fmap_drop. f_equal. f_equal.
      destruct Hm as (_ & -> & _). by rewrite total_sizes, fmap_take, fmap_drop.
Qed.

Lemma arrange_all_ok steps : forall l w fs, layout l w fs -> closed_list l fs -> all_arranged steps (m_size <$> fs) ->
  exists l' w' fs', arrange_all steps l w = Ok (l', w') /\ layout l' w' fs' /\ closed_list l' fs' /\ m_size <$> fs' = final_sizes steps (m_size <$> fs) /\
    m_torrent_size l' = m_torrent_size l /\ m_chunk_size l' = m_chunk_size l.
Proof.
  induction steps as [|a steps IH]; intros l w fs Hly Hcl Ha; cbn [arrange_all all_arranged final_sizes foldl] in *; [by exists l, w, fs|].
  destruct Ha as [Ha Has]. destruct (arrange_ok a l w fs Hly Hcl Ha) as (l1 & w1 & fs1 & -> & Hly1 & Hcl1 & Es & Et & Ec). cbn [mbind res_bind]. rewrite <- Es in Has.
  destruct (IH l1 w1 fs1 Hly1 Hcl1 Has) as (l2 & w2 & fs2 & -> & Hly2 & Hcl2 & Es2 & Et2 & Ec2). exists l2, w2, fs2.
  split_and!; [done|done|done|by rewrite Es2, Es|congruence|congruence].
Qed.

(** ** Mapping a chunk *)

(** The files are where they were, whatever else changed. *)
Definition located (w : world) (ids : list nat) (fs : list File) : Prop := Forall2 (fun id f => exists g, w_files w !! id = Some g /\ same_place f g) ids fs.

Lemma loaded_located w ids fs : loaded w ids fs -> located w ids fs.
Proof. intros H. eapply Forall2_impl; [exact H|]. intros id f Hf. exists f. split; [done|]. by apply same_place_open. Qed.

Lemma located_kept w w' ids fs : located w ids fs -> places_kept w w' -> located w' ids fs.
Proof.
  intros H Hk. eapply Forall2_impl; [exact H|]. intros id f (g & Hg & S1). destruct (Hk id g Hg) as (h & Hh & S2). exists h. split; [done|]. by etrans.
Qed.

(** Parts that follow each other from [pos] to [stop], each of them inside a
    file at the place of the torrent that belongs to it. *)
Definition part_of (l : list (nat * File)) (offset : Z) (p : chunk_part) : Prop :=
  exists f, (p_file p, f) ∈ l /\ m_offset f + p_file_offset p = offset + p_position p /\ 0 <= p_file_offset p /\ p_file_offset p + p_size p <= m_size f.
Fixpoint covers (good : chunk_part -> Prop) (pos stop : Z) (parts : list chunk_part) : Prop :=
  match parts with [] => pos = stop | p :: parts => p_position p = pos /\ 0 < p_size p /\ good p /\ covers good (pos + p_size p) stop parts end.

Lemma covers_impl (P Q : chunk_part -> Prop) stop parts : (forall p, P p -> Q p) -> forall pos, covers P pos stop parts -> covers Q pos stop parts.
Proof. intros Hpq. induction parts as [|p parts IH]; intros pos; cbn; [done|]. intros (? & ? & ? & ?). split_and!; auto. Qed.

(** Pages have the size of a page. *)
Definition sane_pages (env : fs_env) : Prop := 4096 <= fs_page_size env < 2 ^ 18.

(** Everything that is asked of the system works, and the files on disk are
    large enough. *)
Definition disk_works (env : fs_env) (size : Z) : Prop :=
  storage_works (fs_files env) /\ (forall fd, size <= env_size (fs_files env) fd) /\ (forall fd o n p, fs_mmap env fd o n p = true) /\ (forall n p, fs_mmap_anon env n p = true).

Lemma create_chunk_part_ok env id offset len prot size w f : opens_valid (fs_files env) -> sane_pages env -> fm_ok w -> 0 < prot < 4 ->
  (exists g, w_files w !! id = Some g /\ same_place f g) -> 0 <= m_offset f <= offset -> offset < m_offset f + m_size f -> m_offset f + m_size f <= size -> size < 2 ^ 60 -> 0 < len < 2 ^ 32 ->
  exists r w', create_chunk_part env id offset len prot w = Ok (r, w') /\ fm_ok w' /\ places_kept w w' /\
    (r = None \/ r = Some (Z.min len (m_size f - (offset - m_offset f)))) /\ (disk_works env size -> r <> None).
Proof.
  intros Henv Hpg Hw Hprot (g & Hg & Sg) Hoff Hin Hsz Hmax Hlen. unfold create_chunk_part. rewrite (get_file_eq id w g Hg). cbn [mbind res_bind].
  pose proof Sg as (_ & _ & -> & -> & _). set (o := offset - m_offset f). rewrite (u64_small o), (u64_small (m_size f - o)) by lia.
  set (n := Z.min len (m_size f - o)). rewrite (u32_small n) by lia. destruct (is_padding g) eqn:Hpad.
  { eexists _, w. split; [reflexivity|]. split_and!; [done|done|destruct (fs_mmap_anon env n prot); tauto|]. intros (_ & _ & _ & ->). done. }
  rewrite (proj2 (Z.leb_gt (2 ^ 63) o)) by lia. cbn [throw_when mbind res_bind].
  destruct (prepare_ok (fs_files env) id prot w g Henv Hw Hg Hprot) as (b & w1 & h & Ep & Hw1 & _ & Hh & Sh & Hb).
  destruct (prepare_places _ _ _ _ _ _ Henv Hw Hprot Ep) as [Hk Hworks]. rewrite Ep. cbn [mbind res_bind].
  destruct b; cbn [negb]; [|exists None, w1; split_and!; [done|done|done|by left|intros (Hs & _); by apply Hworks in Hs]].
  rewrite (get_file_eq id w1 h Hh). cbn [mbind res_bind]. unfold socket_create_chunk.
  destruct Hb as [?|[_ Hb]]; [congruence|]. destruct (Hb eq_refl) as [Ho _]. unfold is_open in Ho. apply negb_true_iff in Ho. rewrite Ho. cbn [throw_when mbind res_bind].
  rewrite (u64_small (o + n)) by lia. destruct ((n =? 0) || _ || _) eqn:E; cbn [mbind res_bind].
  - exists None, w1. split_and!; [done|done|done|by left|]. intros (_ & Hd & _). specialize (Hd (m_fd h)). bool_prop. lia.
  - unfold sane_pages in Hpg. rewrite (proj2 (Z.eqb_neq (fs_page_size env) 0)), (proj2 (Z.ltb_ge (fs_page_size env) 4096)), (proj2 (Z.leb_gt (2 ^ 18) (fs_page_size env))) by lia.
    pose proof (Z.mod_pos_bound o (fs_page_size env) ltac:(lia)) as Hal. rewrite (proj2 (Z.leb_gt (fs_page_size env) (o mod fs_page_size env))) by lia. cbn [orb ub_when throw_when mbind res_bind].
    destruct (fs_mmap env _ _ _ prot) eqn:Em; cbn [mbind res_bind].
    + rewrite (proj2 (Z.eqb_neq n 0)), (proj2 (Z.ltb_ge n n)) by lia. cbn [throw_when mbind res_bind]. eexists _, w1. split; [reflexivity|]. split_and!; [done|done|by right|done].
    + exists None, w1. split_and!; [done|done|done|by left|]. intros (_ & _ & Hm & _). by rewrite Hm in Em.
Qed.

Lemma chunk_loop_zero env ids offset prot position parts w : chunk_loop env ids offset 0 prot position parts w = Ok (Some parts, w).
Proof. by destruct ids. Qed.

Lemma chunk_loop_ok env size prot offset0 : opens_valid (fs_files env) -> sane_pages env -> 0 < prot < 4 -> size < 2 ^ 60 -> forall ids fs cs off offset len position parts w,
  fm_ok w -> located w ids fs -> placed cs off fs -> 0 <= off <= offset -> off + total fs <= size -> offset + len <= off + total fs -> 0 <= len -> 0 <= position ->
  position + len < 2 ^ 32 -> offset = offset0 + position -> (offset = off \/ exists f fs', fs = f :: fs' /\ offset < off + m_size f) ->
  exists r w', chunk_loop env ids offset len prot position parts w = Ok (r, w') /\ fm_ok w' /\ places_kept w w' /\
    match r with Some all => exists new, all = parts ++ new /\ covers (part_of (zip ids fs) offset0) position (position + len) new | None => ~ disk_works env size end.
Proof.
  intros Henv Hpg Hprot Hmax. induction ids as [|id ids IH]; intros fs cs off offset len position parts w Hw Hloc Hp Hoff Hsz Hle Hlen Hpos Hbound Heq Hstart;
    inversion Hloc as [|? f ? fs' (g & Hg & Sg) Hloc']; subst fs; cbn [chunk_loop].
  { cbn [total] in Hle. assert (len = 0) as -> by lia. cbn [Z.eqb]. exists (Some parts), w. split_and!; [done|done|done|]. exists []. rewrite app_nil_r. cbn. split; [done|lia]. }
  destruct (len =? 0) eqn:E0; bool_prop.
  { exists (Some parts), w. split_and!; [done|done|done|]. exists []. rewrite app_nil_r. cbn. split; [done|lia]. }
  cbn [placed total] in *. destruct Hp as (Ho & Hs & _ & Hp'). rewrite (get_file_eq id w g Hg). cbn [mbind res_bind]. pose proof Sg as (_ & _ & _ & Eg & _). rewrite Eg.
  pose proof (placed_nonneg _ _ _ Hp') as Hnn.
  destruct (m_size f =? 0) eqn:Es; bool_prop.
  { destruct (IH fs' cs (off + m_size f) offset len position parts w) as (r & w' & -> & Hw' & Hk & Hr); try done; try lia.
    - left. destruct Hstart as [?|(f' & fs'' & [= <- <-] & ?)]; lia.
    - exists r, w'. split_and!; [done|done|done|]. destruct r as [all|]; [|done]. destruct Hr as (new & E & Hc). exists new. split; [done|].
      eapply covers_impl; [|exact Hc]. intros p (f' & Hin & Hx). exists f'. split; [by right|done]. }
  assert (Hlt : offset < off + m_size f) by (destruct Hstart as [?|(f' & fs'' & [= <- <-] & ?)]; lia).
  destruct (create_chunk_part_ok env id offset len prot size w f Henv Hpg Hw Hprot ltac:(by exists g) ltac:(lia) ltac:(lia) ltac:(lia) Hmax ltac:(lia)) as (r & w1 & -> & Hw1 & Hk1 & Hr & Hd).
  cbn [mbind res_bind]. destruct Hr as [-> | ->]; [exists None, w1; split_and!; [done|done|done|]; intros Hdw; by apply Hd|].
  destruct (Hk1 id g Hg) as (h & Hh & Sh). rewrite (get_file_eq id w1 h Hh). cbn [mbind res_bind]. assert (same_place f h) as (_ & _ & Eh & _) by (by etrans). rewrite Eh.
  set (n := Z.min len (m_size f - (offset - m_offset f))). assert (0 < n <= len) by lia.
  rewrite (u64_small (offset + n)), (u32_small (len - n)), (u32_small (position + n)), (u64_small (offset - m_offset f)) by lia.
  assert (Hpart : part_of ((id, f) :: zip ids fs') offset0 (Part id (offset - m_offset f) position n)).
  { exists f. cbn. split_and!; [by left|lia|lia|lia]. }
  destruct (decide (len = n)) as [En|Hne].
  - rewrite En, Z.sub_diag, chunk_loop_zero. eexists _, w1. split; [reflexivity|]. split_and!; [done|done|]. eexists. split; [reflexivity|].
    cbn [covers p_position p_size zip zip_with]. split_and!; [done|lia|done|done].
  - destruct (IH fs' cs (off + m_size f) (offset + n) (len - n) (position + n) (parts ++ [Part id (offset - m_offset f) position n]) w1) as (r & w' & -> & Hw' & Hk & Hr); try done; try lia.
    + by eapply located_kept.
    + exists r, w'. split_and!; [done|done|by etrans|]. destruct r as [all|]; [|done]. destruct Hr as (new & -> & Hc).
      exists (Part id (offset - m_offset f) position n :: new). split; [by rewrite <- app_assoc|]. cbn [covers p_position p_size zip zip_with]. split_and!; [done|lia|done|].
      replace (position + len) with (position + n + (len - n)) by lia. eapply covers_impl; [|exact Hc]. intros p (f' & Hin & H'). exists f'. split; [by right|done].
Qed.

Lemma find_position_ok offset cs ids : forall fs off w, loaded w ids fs -> placed cs off fs -> 0 <= off <= offset -> offset < off + total fs -> off + total fs < 2 ^ 60 ->
  exists i f, find_position offset ids w = Ok (drop i ids) /\ fs !! i = Some f /\ m_offset f = off + total (take i fs) /\ m_offset f <= offset < m_offset f + m_size f.
Proof.
  induction ids as [|id ids IH]; intros fs off w Hl Hp Hoff Hlt Hmax; inversion Hl as [|? f ? fs' Hf Hl']; subst fs; cbn [find_position]; [cbn [total] in *; lia|].
  rewrite (get_file_eq id w f Hf). cbn [mbind res_bind placed total] in *. destruct Hp as (Ho & Hs & _ & Hp). pose proof (placed_nonneg _ _ _ Hp).
  unfold is_valid_position. rewrite Ho, u64_small by lia. destruct ((off <=? offset) && (offset <? off + m_size f)) eqn:E; bool_prop.
  - exists 0%nat, f. cbn. split_and!; [done|done|lia|lia|lia].
  - destruct (IH fs' (off + m_size f) w) as (i & g & -> & Hg & Eo & Hin); [done|done|lia|lia|lia|]. exists (S i), g. cbn [take drop total]. split_and!; [done|done|lia|lia|lia].
Qed.

Lemma create_chunk_ok env offset len prot l w fs : opens_valid (fs_files env) -> sane_pages env -> fm_ok w -> layout l w fs -> 0 < prot < 4 -> 0 <= offset -> 0 < len < 2 ^ 32 ->
  offset + len <= m_torrent_size l ->
  exists r w', create_chunk env offset len prot l w = Ok (r, w') /\ fm_ok w' /\ places_kept w w' /\
    match r with Some parts => covers (part_of (zip (fl l) fs) offset) 0 len parts | None => ~ disk_works env (m_torrent_size l) end.
Proof.
  intros Henv Hpg Hw [L1 L2 L3 L4 (Ht & Hc & _) L6] Hprot Hoff Hlen Hle. unfold create_chunk. rewrite u64_small, (proj2 (Z.ltb_ge _ _)) by lia. cbn [throw_when mbind res_bind].
  destruct (find_position_ok offset (m_chunk_size l) (fl l) fs 0 w L1 L3) as (i & f & -> & Hf & Ho & Hin); [lia|lia|lia|]. cbn [mbind res_bind].
  pose proof L3 as P. rewrite <- (take_drop i fs) in P, L4. apply placed_app in P as [P1 P2]. rewrite total_app in L4. pose proof (placed_nonneg _ _ _ P1).
  pose proof (drop_S fs f i Hf) as Hd.
  destruct (chunk_loop_ok env (m_torrent_size l) prot offset Henv Hpg Hprot ltac:(lia) (drop i (fl l)) (drop i fs) (m_chunk_size l) (total (take i fs)) offset len 0 [] w)
    as (r & w' & -> & Hw' & Hk & Hr); try done; try lia.
  - apply loaded_located. by apply Forall2_drop.
  - right. exists f, (drop (S i) fs). split; [done|lia].
  - cbn [mbind res_bind]. eexists _, w'. split; [reflexivity|]. split_and!; [done|done|]. destruct r as [parts|]; [|done]. destruct Hr as (new & -> & Hcov). cbn [app] in *.
    destruct new as [|p new]; [cbn in Hcov; lia|]. rewrite Z.add_0_l in Hcov. eapply covers_impl; [|exact Hcov]. intros q (f' & Hq & H'). exists f'. split; [|done].
    rewrite zip_with_drop in Hq || idtac. rewrite <- (take_drop i (fl l)), <- (take_drop i fs). rewrite zip_with_app by (rewrite !length_take, (loaded_length _ _ _ L1); done).
    apply elem_of_app. by right.
Qed.

(** ** Bytes done and left *)

Definition bit_of (l : file_list) (i : Z) : bool := Bitfield.bit (bitfield l) i.

(** The last chunk is what is left of the torrent. *)
Definition chunk_bytes (l : file_list) (i : Z) : Z :=
  if i + 1 =? size_chunks l then m_torrent_size l - i * m_chunk_size l else m_chunk_size l.
Definition bytes_where (p : Z -> bool) (l : file_list) (chunks : list Z) : Z := foldr (fun i acc => (if p i then chunk_bytes l i else 0) + acc) 0 chunks.
Definition all_chunks (l : file_list) : list Z := zrange 0 (Z.to_nat (size_chunks l)).

(** A list with a bitfield for its chunks, one chunk at least. *)
Record counted (l : file_list) : Prop := {
  ct_sizes : sizes_ok (m_torrent_size l) (m_chunk_size l);
  ct_some : 0 < m_torrent_size l;
  ct_chunks : size_chunks l = ceil_div (m_torrent_size l) (m_chunk_size l);
  ct_ready : Bitfield.ready (size_chunks l) (bitfield l);
}.

Lemma size_set_count n b : Bitfield.ready n b -> Bitfield.size_set b = Z.of_nat (count (Bitfield.bit b) (zrange 0 (Z.to_nat n))).
Proof.
  intros Hr. pose proof Hr as (Hwf & He & <-). destruct (Bitfield.not_empty_data b He) as [d Hd]. unfold Bitfield.size_set. destruct (Bitfield.wf_count b d Hwf Hd) as [-> Hlen]. f_equal.
  transitivity (count id (Bitfield.bit b <$> zrange 0 (Z.to_nat (Bitfield.m_size b)))); [|by rewrite count_fmap]. f_equal. apply list_eq. intros i. unfold zrange. rewrite !list_lookup_fmap.
  destruct (decide (i < Z.to_nat (Bitfield.m_size b))%nat) as [Hi|Hi].
  - rewrite lookup_take_lt, lookup_seq_lt by done. cbn.
    pose proof (Bitfield.holds_bit (Bitfield.m_size b) b (Bitfield.bits d) (Z.of_nat i) (Bitfield.wf_holds b d Hwf Hd) ltac:(lia)) as E. by rewrite Nat2Z.id in E.
  - rewrite lookup_take_ge, lookup_seq_ge by lia. done.
Qed.

Lemma ceil_bounds t c : 0 < c -> 0 < t -> 0 < ceil_div t c /\ (ceil_div t c - 1) * c < t <= ceil_div t c * c.
Proof.
  intros Hc Ht. unfold ceil_div. pose proof (Z.div_mod (t + c - 1) c ltac:(lia)) as E. pose proof (Z.mod_pos_bound (t + c - 1) c ltac:(lia)) as B.
  set (q := (t + c - 1) / c) in *. assert (0 < q) by nia. nia.
Qed.

Lemma last_chunk_bytes l : counted l -> 0 < chunk_bytes l (size_chunks l - 1) <= m_chunk_size l /\
  chunk_bytes l (size_chunks l - 1) = (if m_torrent_size l mod m_chunk_size l =? 0 then m_chunk_size l else m_torrent_size l mod m_chunk_size l).
Proof.
  intros [(Ht & Hc & Hn) Hs Hch _]. unfold chunk_bytes. replace (size_chunks l - 1 + 1) with (size_chunks l) by lia. rewrite Z.eqb_refl.
  destruct (ceil_bounds _ _ (proj1 Hc) Hs) as [Hp Hb]. rewrite <- Hch in Hp, Hb. set (n := size_chunks l) in *. set (c := m_chunk_size l) in *. set (t := m_torrent_size l) in *.
  split; [lia|]. destruct (decide (t = n * c)) as [E|Hne].
  - rewrite E, Z_mod_mult. cbn. lia.
  - assert (Em : t mod c = t - (n - 1) * c) by (symmetry; apply (Z.mod_unique t c (n - 1)); lia). rewrite Em, (proj2 (Z.eqb_neq _ 0)) by lia. done.
Qed.

Lemma chunk_index_size_ok l i : counted l -> 0 <= i < size_chunks l -> chunk_index_size i l = Ok (chunk_bytes l i).
Proof.
  intros Hl Hi. pose proof Hl as [(Ht & Hc & Hn) Hs Hch Hr]. pose proof (Bitfield.ready_size _ _ Hr). unfold chunk_index_size. rewrite u32_small by lia.
  destruct (i + 1 =? size_chunks l) eqn:E; cbn [negb]; [|by unfold chunk_bytes; rewrite E]. bool_prop. rewrite (proj2 (Z.eqb_neq (m_chunk_size l) 0)) by lia.
  cbn [ub_when mbind res_bind]. replace i with (size_chunks l - 1) by lia. destruct (last_chunk_bytes l Hl) as [_ ->]. unfold size_bytes.
  pose proof (Z.mod_pos_bound (m_torrent_size l) (m_chunk_size l)). f_equal. rewrite u32_small by lia. done.
Qed.

(** A piece is valid when it is not empty and inside its chunk. *)
Lemma is_valid_piece_ok l p : counted l -> 0 <= Piece.m_index p < 2 ^ 32 -> 0 <= Piece.m_offset p < 2 ^ 32 -> 0 <= Piece.m_length p < 2 ^ 32 ->
  exists b, is_valid_piece p l = Ok b /\
    (b = true <-> Piece.m_index p < size_chunks l /\ 0 < Piece.m_length p /\ Piece.m_offset p + Piece.m_length p <= chunk_bytes l (Piece.m_index p)).
Proof.
  intros Hl Hi Ho Hn. unfold is_valid_piece. set (i := Piece.m_index p) in *. set (o := Piece.m_offset p) in *. set (n := Piece.m_length p) in *.
  pose proof Hl as [(Ht & Hc & _) Hs Hch Hr]. pose proof (proj1 (last_chunk_bytes l Hl)) as Hlast.
  assert (Hcb : i < size_chunks l -> chunk_bytes l i <= m_chunk_size l).
  { intros Hlt. destruct (decide (i = size_chunks l - 1)) as [->|Hne]; [lia|]. unfold chunk_bytes. rewrite (proj2 (Z.eqb_neq _ _)) by lia. done. }
  assert (Hwrap : (o <=? u32 (o + n)) = true <-> o + n < 2 ^ 32).
  { rewrite Z.leb_le. destruct (decide (o + n < 2 ^ 32)); [rewrite u32_small by lia; lia|]. unfold u32. split; [|lia].
    replace ((o + n) mod 2 ^ 32) with (o + n - 2 ^ 32); [lia|]. apply (Z.mod_unique _ _ 1); lia. }
  destruct ((i <? size_chunks l) && negb (n =? 0) && (o <=? u32 (o + n))) eqn:E.
  - apply andb_true_iff in E as [E Ew]. apply Hwrap in Ew. bool_prop. rewrite (chunk_index_size_ok l i Hl) by lia. cbn [mbind res_bind]. rewrite u32_small by lia.
    eexists. split; [reflexivity|]. rewrite Z.leb_le. split; [lia|tauto].
  - eexists. split; [reflexivity|]. split; [done|]. intros (H1 & H2 & H3). specialize (Hcb H1).
    rewrite (proj2 (Z.ltb_lt _ _) H1), (proj2 (Z.eqb_neq n 0)), (proj2 Hwrap) in E by lia. done.
Qed.

Lemma bytes_where_app p l a b : bytes_where p l (a ++ b) = bytes_where p l a + bytes_where p l b.
Proof. unfold bytes_where. induction a as [|i a IH]; cbn [app foldr]; [lia|]. rewrite IH. lia. Qed.

Lemma bytes_where_full p l m : Z.of_nat m < size_chunks l -> bytes_where p l (zrange 0 m) = Z.of_nat (count p (zrange 0 m)) * m_chunk_size l.
Proof.
  induction m as [|m IH]; intros Hm; [done|]. rewrite zrange_S, bytes_where_app, count_app, IH by lia. rewrite count_cons, count_nil. cbn [bytes_where foldr].
  assert (chunk_bytes l (0 + Z.of_nat m) = m_chunk_size l) as -> by (unfold chunk_bytes; rewrite (proj2 (Z.eqb_neq _ _)) by lia; done). destruct (p _); lia.
Qed.

Lemma bytes_where_all p l : counted l ->
  bytes_where p l (all_chunks l) = Z.of_nat (count p (all_chunks l)) * m_chunk_size l - (if p (size_chunks l - 1) then m_chunk_size l - chunk_bytes l (size_chunks l - 1) else 0).
Proof.
  intros [(Ht & Hc & _) Hs Hch _]. destruct (ceil_bounds _ _ (proj1 Hc) Hs) as [Hp _]. rewrite <- Hch in Hp. unfold all_chunks.
  replace (Z.to_nat (size_chunks l)) with (S (Z.to_nat (size_chunks l - 1))) by lia. rewrite zrange_S, bytes_where_app, bytes_where_full, count_app by lia. rewrite count_cons, count_nil. cbn [bytes_where foldr].
  replace (0 + Z.of_nat (Z.to_nat (size_chunks l - 1))) with (size_chunks l - 1) by lia. destruct (p _); lia.
Qed.

(** The chunks that are done and those that are not are all there is. *)
Lemma bytes_split p l : counted l -> bytes_where p l (all_chunks l) + bytes_where (fun i => negb (p i)) l (all_chunks l) = m_torrent_size l.
Proof.
  intros Hl. pose proof (bytes_where_all (fun _ => true) l Hl) as E. assert (Hsum : forall a, bytes_where p l a + bytes_where (fun i => negb (p i)) l a = bytes_where (fun _ => true) l a).
  { unfold bytes_where. induction a as [|i a IH]; cbn [foldr]; [done|]. destruct (p i); cbn [negb]; lia. }
  rewrite Hsum, E. cbv beta iota. assert (Z.of_nat (count (fun _ : Z => true) (all_chunks l)) = size_chunks l) as ->.
  { assert (count (fun _ : Z => true) (all_chunks l) = length (all_chunks l)) as -> by (apply count_true_all, Forall_forall; done).
    unfold all_chunks, zrange. rewrite length_fmap, length_seq. destruct Hl as [_ _ _ Hr]. pose proof (Bitfield.ready_size _ _ Hr). lia. }
  unfold chunk_bytes. replace (size_chunks l - 1 + 1) with (size_chunks l) by lia. rewrite Z.eqb_refl. lia.
Qed.

Lemma bytes_nonneg p l : counted l -> 0 <= bytes_where p l (all_chunks l).
Proof.
  intros Hl. pose proof (proj1 (last_chunk_bytes l Hl)) as Hb. pose proof Hl as [(_ & Hc & _) _ _ _]. assert (forall a, (forall i, i ∈ a -> i < size_chunks l) -> 0 <= bytes_where p l a) as H.
  { unfold bytes_where. induction a as [|i a IH]; intros Hin; cbn [foldr]; [done|]. assert (0 <= chunk_bytes l i).
    { destruct (decide (i = size_chunks l - 1)) as [->|Hne]; [lia|]. unfold chunk_bytes. pose proof (Hin i (list_elem_of_here _ _)). rewrite (proj2 (Z.eqb_neq _ _)) by lia. lia. }
    assert (forall j, j ∈ a -> j < size_chunks l) as Hin' by (intros j Hj; apply Hin; by right). specialize (IH Hin'). destruct (p i); lia. }
  apply H. intros i Hi%elem_of_zrange. lia.
Qed.

Lemma completed_bytes_ok l : counted l -> completed_bytes l = Ok (bytes_where (bit_of l) l (all_chunks l)).
Proof.
  intros Hl. pose proof Hl as [(Ht & Hc & Hn) Hs Hch Hr]. pose proof Hr as (_ & He & _). destruct (ceil_bounds _ _ (proj1 Hc) Hs) as [Hp Hb]. rewrite <- Hch in Hp, Hb.
  pose proof (bytes_nonneg (bit_of l) l Hl) as Hnn. pose proof (bytes_split (bit_of l) l Hl) as Hsp. pose proof (bytes_nonneg (fun i => negb (bit_of l i)) l Hl) as Hnn2.
  pose proof (size_set_count _ _ Hr) as Ecnt. change (Bitfield.size_set (bitfield l)) with (completed_chunks l) in Ecnt. change (zrange 0 _) with (all_chunks l) in Ecnt.
  pose proof (bytes_where_all (bit_of l) l Hl) as E. change (Z.of_nat (count (bit_of l) (all_chunks l))) with (Z.of_nat (count (Bitfield.bit (bitfield l)) (all_chunks l))) in E. rewrite <- Ecnt in E.
  destruct (last_chunk_bytes l Hl) as [Hlb Elb]. pose proof (Bitfield.ready_size _ _ Hr) as Hsz. assert (Hmul : (size_chunks l - 1) * m_chunk_size l < m_torrent_size l) by lia.
  unfold completed_bytes. rewrite He, (u32_small (size_chunks l - 1)) by lia. rewrite (Bitfield.get_bit (size_chunks l)) by (done || lia). cbn [mbind res_bind]. change (Bitfield.bit (bitfield l)) with (bit_of l).
  change (size_bytes l) with (m_torrent_size l) in *. destruct (bit_of l (size_chunks l - 1)) eqn:Eb; cbn [negb]; [|rewrite u64_small by lia; f_equal; lia].
  rewrite (proj2 (Z.eqb_neq (m_chunk_size l) 0)) by lia. cbn [ub_when mbind res_bind]. destruct (m_torrent_size l mod m_chunk_size l =? 0) eqn:Em; [rewrite u64_small by lia; f_equal; lia|].
  assert (Hpos : 0 < completed_chunks l).
  { assert (completed_chunks l <> 0) as Hne; [|lia]. intros E0. rewrite E0 in Ecnt. pose proof (proj1 (count_zero (Bitfield.bit (bitfield l)) (all_chunks l)) ltac:(lia)) as Hz.
    rewrite Forall_forall in Hz. specialize (Hz (size_chunks l - 1)). change (Bitfield.bit (bitfield l)) with (bit_of l) in Hz. rewrite Eb in Hz. discriminate Hz. apply elem_of_zrange. lia. }
  assert (Hle : completed_chunks l <= size_chunks l).
  { rewrite Ecnt. pose proof (count_le (Bitfield.bit (bitfield l)) (all_chunks l)) as Hle. replace (length (all_chunks l)) with (Z.to_nat (size_chunks l)) in Hle; [lia|]. unfold all_chunks, zrange. by rewrite length_fmap, length_seq. }
  rewrite (proj2 (Z.eqb_neq (completed_chunks l) 0)) by lia. cbn [throw_when mbind res_bind]. rewrite (u32_small (_ - 1)), (u64_small (_ * _)), u64_small by nia. f_equal. lia.
Qed.

Lemma left_bytes_ok l : counted l -> left_bytes l = Ok (bytes_where (fun i => negb (bit_of l i)) l (all_chunks l)).
Proof.
  intros Hl. pose proof Hl as [(Ht & Hc & Hn) Hs Hch Hr]. unfold left_bytes. rewrite (completed_bytes_ok l Hl). cbn [mbind res_bind]. change (size_bytes l) with (m_torrent_size l).
  pose proof (bytes_nonneg (bit_of l) l Hl) as Hnn. pose proof (bytes_split (bit_of l) l Hl) as Hsp. pose proof (bytes_nonneg (fun i => negb (bit_of l i)) l Hl) as Hnn2.
  rewrite u64_small, (proj2 (Z.ltb_ge _ _)) by lia. cbn [throw_when mbind res_bind]. assert (Hd : (completed_chunks l =? size_chunks l) && negb (m_torrent_size l - bytes_where (bit_of l) l (all_chunks l) =? 0) = false).
  { destruct (completed_chunks l =? size_chunks l) eqn:E; [|done]. cbn [andb]. apply negb_false_iff, Z.eqb_eq.
    assert (bytes_where (fun i => negb (bit_of l i)) l (all_chunks l) = 0); [|lia]. pose proof (proj1 (Bitfield.is_all_set_iff _ _ Hr) E) as Hall.
    assert (forall a, (forall i, i ∈ a -> bit_of l i = true) -> bytes_where (fun i => negb (bit_of l i)) l a = 0) as H.
    { unfold bytes_where. induction a as [|i a IH]; intros Hin; cbn [foldr]; [done|]. rewrite (Hin i (list_elem_of_here _ _)). cbn [negb]. rewrite IH; [done|]. intros j Hj. apply Hin. by right. }
    apply H. intros i Hi%elem_of_zrange. apply Hall. pose proof (Bitfield.ready_size _ _ Hr). lia. }
  rewrite Hd. cbn [throw_when mbind res_bind]. f_equal. lia.
Qed.

(** ** Counting the chunks of each file *)

(** The files with other counts of chunks done. *)
Definition with_counts (c : nat -> Z) (fs : list File) : list File := imap (fun i f => set_completed_protected (c i) f) fs.

Lemma with_counts_lookup c fs i : with_counts c fs !! i = set_completed_protected (c i) <$> fs !! i.
Proof. unfold with_counts. by rewrite list_lookup_imap. Qed.

Lemma with_counts_length c fs : length (with_counts c fs) = length fs.
Proof. apply length_imap. Qed.

Lemma with_counts_keeps c fs : Forall2 keeps_place fs (with_counts c fs).
Proof.
  apply Forall2_same_length_lookup_2; [by rewrite with_counts_length|]. intros i f g Hf Hg. rewrite with_counts_lookup, Hf in Hg. by injection Hg as <-.
Qed.

Lemma with_counts_ext c c' fs : (forall i, (i < length fs)%nat -> c i = c' i) -> with_counts c fs = with_counts c' fs.
Proof.
  intros He. apply list_eq. intros i. rewrite !with_counts_lookup. destruct (fs !! i) as [f|] eqn:Hf; [|done]. cbn. by rewrite He by (by eapply lookup_lt_Some).
Qed.

Lemma with_counts_insert c fs i f v : fs !! i = Some f -> <[i := set_completed_protected v f]> (with_counts c fs) = with_counts (fun j => if (j =? i)%nat then v else c j) fs.
Proof.
  intros Hf. pose proof (lookup_lt_Some _ _ _ Hf). apply list_eq. intros j. rewrite with_counts_lookup. destruct (decide (i = j)) as [<-|Hne].
  - rewrite list_lookup_insert_eq by (by rewrite with_counts_length). by rewrite Hf, Nat.eqb_refl.
  - rewrite list_lookup_insert_ne, with_counts_lookup by done. by rewrite (proj2 (Nat.eqb_neq j i)) by lia.
Qed.

(** Setting the counts of all files *)
Lemma set_all_completed_ok g ids : forall fs w, loaded w ids fs -> NoDup ids -> (forall f v, g (set_completed_protected v f) = g f) ->
  exists w', set_all_completed g ids w = Ok w' /\ loaded w' ids ((fun f => set_completed_protected (g f) f) <$> fs) /\ (forall id, id ∉ ids -> w_files w' !! id = w_files w !! id).
Proof.
  induction ids as [|id ids IH]; intros fs w Hl Hd Hg; inversion Hl as [|? f ? fs' Hf Hl']; subst; cbn [set_all_completed]; [by exists w|].
  rewrite (get_file_eq id w f Hf). cbn [mbind res_bind]. apply NoDup_cons in Hd as [Hni Hd].
  destruct (IH fs' (set_file id (set_completed_protected (g f) f) w)) as (w' & -> & Hw' & He); [by apply loaded_other|done|done|]. exists w'. split_and!; [done| |].
  - cbn [fmap list_fmap]. constructor; [|done]. rewrite He by done. apply lookup_insert_eq.
  - intros j [Hne Hj]%not_elem_of_cons. rewrite He by done. cbn. by rewrite lookup_insert_ne.
Qed.

Lemma fmap_counts (g : File -> Z) fs : (fun f => set_completed_protected (g f) f) <$> fs = with_counts (fun i => from_option g 0 (fs !! i)) fs.
Proof. apply list_eq. intros i. rewrite with_counts_lookup, list_lookup_fmap. by destruct (fs !! i). Qed.

(** The first file from [itr] on that ends after the index *)
Lemma find_after_ok index l w fs steps : forall itr, loaded w (fl l) fs -> (itr + steps = length fs)%nat ->
  exists k, find_after index steps itr l w = Ok k /\ (itr <= k <= length fs)%nat /\ (forall j f, (itr <= j < k)%nat -> fs !! j = Some f -> range_second f <= index) /\
    (forall f, fs !! k = Some f -> index < range_second f).
Proof.
  induction steps as [|steps IH]; intros itr Hl Hlen; cbn [find_after].
  - exists itr. split_and!; [done|lia|lia|lia|]. intros f Hf%lookup_lt_Some. lia.
  - destruct (lookup_lt_is_Some_2 fs itr ltac:(lia)) as (f & Hf). destruct (loaded_file_at w l fs itr f Hl Hf) as (_ & _ & _ & ->). cbn [mbind res_bind].
    destruct (index <? range_second f) eqn:E; bool_prop.
    + exists itr. split_and!; [done|lia|lia|lia|]. intros g Hg. by assert (g = f) as -> by congruence.
    + destruct (IH (S itr) Hl ltac:(lia)) as (k & -> & Hk & Hbefore & Hat). exists k. split_and!; [done|lia|lia| |done].
      intros j g Hj Hg. destruct (decide (j = itr)) as [->|Hne]; [by assert (g = f) as -> by congruence|]. apply (Hbefore j g); [lia|done].
Qed.

Lemma inc_loop_ok l fs steps : forall itr c w, loaded w (fl l) (with_counts c fs) -> NoDup (fl l) -> (itr + steps <= length fs)%nat ->
  exists w', inc_loop steps itr l w = Ok w' /\ loaded w' (fl l) (with_counts (fun j => if (itr <=? j)%nat && (j <? itr + steps)%nat then u32 (c j + 1) else c j) fs).
Proof.
  induction steps as [|steps IH]; intros itr c w Hl Hd Hlen; cbn [inc_loop].
  - exists w. split; [done|]. erewrite with_counts_ext; [exact Hl|]. intros j Hj. cbv beta. destruct (itr <=? j)%nat eqn:E1, (j <? itr + 0)%nat eqn:E2; cbn [andb]; try done.
    apply Nat.leb_le in E1. apply Nat.ltb_lt in E2. lia.
  - destruct (lookup_lt_is_Some_2 fs itr ltac:(lia)) as (f & Hf).
    destruct (update_at_ok w l (with_counts c fs) itr (set_completed_protected (c itr) f) inc_completed_protected Hl Hd) as (id & _ & -> & Hl'); [by rewrite with_counts_lookup, Hf|].
    cbn [mbind res_bind]. change (inc_completed_protected (set_completed_protected (c itr) f)) with (set_completed_protected (u32 (c itr + 1)) f) in Hl'. rewrite (with_counts_insert c fs itr f) in Hl' by done.
    change (inc_completed_protected (set_completed_protected (c itr) f)) with (set_completed_protected (u32 (c itr + 1)) f).
    destruct (IH (S itr) _ _ Hl' Hd ltac:(lia)) as (w' & -> & Hw'). exists w'. split; [done|]. erewrite with_counts_ext; [exact Hw'|]. intros j Hj. cbv beta.
    destruct (decide (j = itr)) as [->|Hne].
    + rewrite Nat.eqb_refl, Nat.leb_refl, (proj2 (Nat.ltb_lt _ _)), (proj2 (Nat.leb_gt (S itr) itr)) by lia. done.
    + rewrite (proj2 (Nat.eqb_neq j itr)) by done. replace (S itr + steps)%nat with (itr + S steps)%nat by lia.
      replace (S itr <=? j)%nat with (itr <=? j)%nat; [done|]. apply eq_true_iff_eq. rewrite !Nat.leb_le. lia.
Qed.

(** The chunks that the search of [inc_completed] ends up counting for a file:
    from the chunk of the byte before the file on. *)
Definition count_from (cs : Z) (f : File) : Z := ceil_div (m_offset f) cs - 1.
Definition counts_chunk (cs : Z) (f : File) (i : Z) : bool := (count_from cs f <=? i) && (i <? range_second f).

(** Ends of files that come earlier *)
Lemma placed_second cs fs : 0 < cs -> placed cs 0 fs -> forall i j f g, fs !! i = Some f -> fs !! j = Some g -> (j < i)%nat -> range_second g <= ceil_div (m_offset f) cs.
Proof.
  intros Hcs Hp i j f g Hf Hg Hj. rewrite (placed_offset cs fs i f Hp Hf). pose proof (placed_offset cs fs j g Hp Hg) as Eg.
  pose proof (placed_sizes _ _ _ Hp) as Hpos. pose proof (proj1 (Forall_lookup _ _) Hpos j g Hg) as Hgs. cbn in Hgs.
  assert (Hle : total (take (S j) fs) <= total (take i fs)).
  { rewrite <- (take_drop (S j) (take i fs)), total_app, take_take, Nat.min_l by lia.
    assert (Hnn : forall gs, Forall (fun f => 0 <= m_size f) gs -> 0 <= total gs) by (induction 1; cbn; lia).
    pose proof (Hnn _ (Forall_drop _ (S j) _ (Forall_take _ i _ Hpos))). lia. }
  rewrite (take_S_r fs j g Hg), total_app in Hle. cbn [total] in Hle. rewrite <- Eg in Hle.
  rewrite <- (take_drop_middle fs j g Hg) in Hp. apply placed_app in Hp as [_ Hp]. cbn [placed] in Hp. destruct Hp as (Eo & _ & Er & _). rewrite <- Eo in Er.
  unfold range_second. rewrite Er. unfold range_of. destruct (m_size g =? 0) eqn:E; cbn [snd]; bool_prop.
  - etrans; [by apply floor_le_ceil|]. apply ceil_div_mono; lia.
  - apply ceil_div_mono; lia.
Qed.

Lemma placed_own cs fs i f : 0 < cs -> placed cs 0 fs -> fs !! i = Some f -> 0 <= m_offset f /\ m_range f = range_of cs (m_offset f) (m_size f) /\ 0 <= m_size f.
Proof.
  intros Hcs Hp Hf. pose proof (placed_offset cs fs i f Hp Hf) as Eo. rewrite <- (take_drop_middle fs i f Hf) in Hp. apply placed_app in Hp as [Hp1 Hp]. cbn [placed] in Hp.
  destruct Hp as (E & Hs & Er & _). rewrite <- E in Er. pose proof (placed_nonneg _ _ _ Hp1). split_and!; [lia|done|done].
Qed.

(** The last file that ends after the byte before another one *)
Lemma placed_reaches cs fs i f : 0 < cs -> placed cs 0 fs -> fs !! i = Some f -> 0 < m_offset f -> exists j g, (j < i)%nat /\ fs !! j = Some g /\ range_second g = ceil_div (m_offset f) cs.
Proof.
  intros Hcs Hp Hf. revert f Hf. induction i as [|i IH]; intros f Hf Ho.
  - rewrite (placed_offset cs fs 0 f Hp Hf) in Ho. change (take 0 fs) with (@nil File) in Ho. cbn [total] in Ho. lia.
  - destruct (lookup_lt_is_Some_2 fs i) as (g & Hg); [apply lookup_lt_Some in Hf; lia|].
    assert (Eo : m_offset f = m_offset g + m_size g) by (rewrite (placed_offset cs fs _ _ Hp Hf), (placed_offset cs fs _ _ Hp Hg), (take_S_r fs i g Hg), total_app; cbn; lia).
    destruct (placed_own cs fs i g Hcs Hp Hg) as (Hgo & Er & Hgs). destruct (decide (m_size g = 0)) as [E0|Hne].
    + destruct (IH g Hg ltac:(lia)) as (j & h & Hj & Hh & E). exists j, h. split_and!; [lia|done|]. by rewrite E, Eo, E0, Z.add_0_r.
    + exists i, g. split_and!; [lia|done|]. unfold range_second. rewrite Er. unfold range_of. rewrite (proj2 (Z.eqb_neq _ _) Hne). cbn [snd]. by rewrite Eo.
Qed.

Lemma second_nonempty cs fs i f : 0 < cs -> placed cs 0 fs -> fs !! i = Some f -> 0 < m_size f -> ceil_div (m_offset f) cs <= range_second f.
Proof.
  intros Hcs Hp Hf Hs. destruct (placed_own cs fs i f Hcs Hp Hf) as (Ho & Er & _). unfold range_second. rewrite Er. unfold range_of.
  rewrite (proj2 (Z.eqb_neq _ _)) by lia. cbn [snd]. apply ceil_div_mono; lia.
Qed.

Lemma inc_completed_ok l fs cs index s c w : loaded w (fl l) (with_counts c fs) -> NoDup (fl l) -> 0 < cs -> placed cs 0 fs -> 0 <= index < 2 ^ 32 - 1 -> (s <= length fs)%nat ->
  (forall j f, (j < s)%nat -> fs !! j = Some f -> range_second f <= index) -> (exists j f, fs !! j = Some f /\ index < range_second f) ->
  exists k w' c', inc_completed s index l w = Ok (k, w') /\ loaded w' (fl l) (with_counts c' fs) /\ (k <= length fs)%nat /\
    (forall j f, (j < k)%nat -> fs !! j = Some f -> range_second f <= index + 1) /\
    (forall i f, fs !! i = Some f -> 0 < m_size f -> c' i = if counts_chunk cs f index then u32 (c i + 1) else c i).
Proof.
  intros Hl Hd Hcs Hp Hidx Hs Hbefore (j0 & f0 & Hj0 & Hf0). pose proof (loaded_length _ _ _ Hl) as Hlen. rewrite with_counts_length in Hlen.
  assert (Hsec : forall j f, fs !! j = Some f -> with_counts c fs !! j = Some (set_completed_protected (c j) f)) by (intros j f Hf; by rewrite with_counts_lookup, Hf).
  unfold inc_completed. rewrite (u32_small (index + 1)) by lia.
  destruct (find_after_ok index l w (with_counts c fs) (length (fl l) - s) s Hl) as (a & -> & Ha & Ha1 & Ha2); [rewrite with_counts_length; lia|]. rewrite with_counts_length in Ha. cbn [mbind res_bind].
  assert (Hskip : forall j f, (j < a)%nat -> fs !! j = Some f -> range_second f <= index).
  { intros j f Hj Hf. destruct (decide (j < s)%nat) as [Hlt|Hge]; [by apply (Hbefore j f)|]. apply (Ha1 j (set_completed_protected (c j) f)); [lia|by apply Hsec]. }
  assert (Hend : (a < length fs)%nat).
  { destruct (decide (j0 < a)%nat) as [Hlt|Hge]; [pose proof (Hskip j0 f0 Hlt Hj0); lia|]. apply lookup_lt_Some in Hj0. lia. }
  destruct (find_after_ok (index + 1) l w (with_counts c fs) (length (fl l) - a) a Hl) as (b & -> & Hb & Hb1 & Hb2); [rewrite with_counts_length; lia|]. rewrite with_counts_length in Hb. cbn [mbind res_bind].
  rewrite (proj2 (Nat.eqb_neq a (length (fl l)))) by lia. cbn [throw_when mbind res_bind]. set (stop := if (b =? length (fl l))%nat then b else S b).
  assert (Hstop : (a <= stop <= length fs)%nat /\ forall i, (i < length fs)%nat -> (i < stop)%nat <-> (i <= b)%nat).
  { unfold stop. destruct (b =? length (fl l))%nat eqn:E; [apply Nat.eqb_eq in E|apply Nat.eqb_neq in E]; (split; [lia|intros i Hi; lia]). }
  destruct (inc_loop_ok l fs (stop - a) a c w Hl Hd ltac:(lia)) as (w' & -> & Hw'). cbn [mbind res_bind].
  exists b, w', (fun j => if (a <=? j)%nat && (j <? a + (stop - a))%nat then u32 (c j + 1) else c j). split_and!; [done|done|lia| |].
  { intros j f Hj Hf. destruct (decide (j < a)%nat) as [Hlt|Hge]; [pose proof (Hskip j f Hlt Hf); lia|]. apply (Hb1 j (set_completed_protected (c j) f)); [lia|by apply Hsec]. }
  intros i f Hf Hsz. pose proof (lookup_lt_Some _ _ _ Hf) as Hi. enough (((a <=? i)%nat && (i <? a + (stop - a))%nat) = counts_chunk cs f index) as -> by done.
  assert (HA : (a <= i)%nat <-> index < range_second f).
  { split; [|intros Hlt; destruct (decide (i < a)%nat) as [Hia|?]; [pose proof (Hskip i f Hia Hf); lia|lia]]. intros Hai. destruct (lookup_lt_is_Some_2 fs a Hend) as (g & Hg).
    pose proof (Ha2 _ (Hsec a g Hg)) as Hga. change (range_second (set_completed_protected _ g)) with (range_second g) in Hga. destruct (decide (a = i)) as [->|Hne]; [by assert (g = f) as <- by congruence|].
    pose proof (placed_second cs fs Hcs Hp i a f g Hf Hg ltac:(lia)). pose proof (second_nonempty cs fs i f Hcs Hp Hf Hsz). lia. }
  assert (HB : (a <= i)%nat -> (i <= b)%nat <-> count_from cs f <= index).
  { intros Hai. unfold count_from. destruct (placed_own cs fs i f Hcs Hp Hf) as (Ho & _). split.
    - intros Hib. destruct (decide (m_offset f = 0)) as [E0|Hne]; [rewrite E0; unfold ceil_div; rewrite Z.div_small by lia; lia|].
      destruct (placed_reaches cs fs i f Hcs Hp Hf ltac:(lia)) as (j & g & Hj & Hg & <-). destruct (decide (j < a)%nat) as [Hlt|Hge]; [pose proof (Hskip j g Hlt Hg); lia|].
      pose proof (Hb1 j _ ltac:(lia) (Hsec j g Hg)) as Hjb. change (range_second (set_completed_protected _ g)) with (range_second g) in Hjb. lia.
    - intros Hle. destruct (decide (b < i)%nat) as [Hbi|?]; [|lia]. destruct (lookup_lt_is_Some_2 fs b ltac:(lia)) as (g & Hg). pose proof (Hb2 _ (Hsec b g Hg)) as Hgb.
      change (range_second (set_completed_protected _ g)) with (range_second g) in Hgb. pose proof (placed_second cs fs Hcs Hp i b f g Hf Hg Hbi). lia. }
  destruct Hstop as [Hst Hst2]. specialize (Hst2 i Hi). unfold counts_chunk. apply eq_true_iff_eq. rewrite !andb_true_iff, Nat.leb_le, Nat.ltb_lt, Z.leb_le, Z.ltb_lt.
  replace (a + (stop - a))%nat with stop by lia. rewrite Hst2. tauto.
Qed.

(** The number of chunks done that a file counts, of those before [n] *)
Definition done_of (l : file_list) (f : File) (n : nat) : Z := Z.of_nat (count (fun i => bit_of l i && counts_chunk (m_chunk_size l) f i) (zrange 0 n)).

Lemma done_of_S l f n : done_of l f (S n) = done_of l f n + (if bit_of l (Z.of_nat n) && counts_chunk (m_chunk_size l) f (Z.of_nat n) then 1 else 0).
Proof. unfold done_of. rewrite zrange_S, count_app, count_cons, count_nil, Z.add_0_l. destruct (_ && _); lia. Qed.

Lemma done_of_le l f n : 0 <= done_of l f n <= Z.of_nat n.
Proof. unfold done_of. pose proof (count_le (fun i => bit_of l i && counts_chunk (m_chunk_size l) f i) (zrange 0 n)) as H. unfold zrange in H at 2. rewrite length_fmap, length_seq in H. lia. Qed.

Lemma completed_loop_ok l fs steps : NoDup (fl l) -> 0 < m_chunk_size l -> placed (m_chunk_size l) 0 fs -> Bitfield.ready (size_chunks l) (bitfield l) ->
  (forall i, 0 <= i < size_chunks l -> exists j f, fs !! j = Some f /\ i < range_second f) -> forall m s c w, (m + steps = Z.to_nat (size_chunks l))%nat ->
  loaded w (fl l) (with_counts c fs) -> (s <= length fs)%nat -> (forall j f, (j < s)%nat -> fs !! j = Some f -> range_second f <= Z.of_nat m) ->
  (forall i f, fs !! i = Some f -> 0 < m_size f -> c i = done_of l f m) ->
  exists w' c', completed_loop steps (Z.of_nat m) s l w = Ok w' /\ loaded w' (fl l) (with_counts c' fs) /\
    (forall i f, fs !! i = Some f -> 0 < m_size f -> c' i = done_of l f (Z.to_nat (size_chunks l))).
Proof.
  intros Hd Hcs Hp Hr Hall. pose proof (Bitfield.ready_size _ _ Hr) as Hsz. induction steps as [|steps IH]; intros m s c w Hm Hl Hs Hbefore Hc; cbn [completed_loop].
  { exists w, c. split_and!; [done|done|]. rewrite Nat.add_0_r in Hm. by rewrite <- Hm. }
  rewrite (Bitfield.get_bit (size_chunks l)) by (done || lia). cbn [mbind res_bind]. change (Bitfield.bit (bitfield l)) with (bit_of l). rewrite (u32_small (Z.of_nat m + 1)) by lia.
  replace (Z.of_nat m + 1) with (Z.of_nat (S m)) by lia. destruct (bit_of l (Z.of_nat m)) eqn:Eb.
  - destruct (inc_completed_ok l fs (m_chunk_size l) (Z.of_nat m) s c w) as (k & w1 & c1 & -> & Hl1 & Hk & Hk1 & Hc1); [done|done|done|done|lia|done|done|apply Hall; lia|].
    cbn [mbind res_bind]. apply (IH (S m) k c1 w1); [lia|done|done|intros j f Hj Hf; pose proof (Hk1 j f Hj Hf); lia|].
    intros i f Hf Hsf. rewrite done_of_S, Eb, (Hc1 i f Hf Hsf), (Hc i f Hf Hsf). cbn [andb]. pose proof (done_of_le l f m). destruct (counts_chunk _ f _); [apply u32_small|]; lia.
  - apply (IH (S m) s c w); [lia|done|done|intros j f Hj Hf; pose proof (Hbefore j f Hj Hf); lia|].
    intros i f Hf Hsf. rewrite done_of_S, Eb, (Hc i f Hf Hsf). cbn [andb]. lia.
Qed.

Lemma placed_last cs fs : 0 < cs -> placed cs 0 fs -> 0 < total fs -> exists j f, fs !! j = Some f /\ range_second f = ceil_div (total fs) cs.
Proof.
  intros Hcs Hp Ht. set (d := put_range (range_of cs (total fs) 0) (set_offset (total fs) new_file)).
  destruct (placed_reaches cs (fs ++ [d]) (length fs) d Hcs) as (j & g & Hj & Hg & E).
  - apply placed_app. split; [done|]. cbn [placed]. by rewrite Z.add_0_l.
  - by rewrite lookup_app_r, Nat.sub_diag by lia.
  - done.
  - exists j, g. rewrite lookup_app_l in Hg by done. done.
Qed.

Lemma chunk_has_file l w fs : counted l -> layout l w fs -> forall i, 0 <= i < size_chunks l -> exists j f, fs !! j = Some f /\ i < range_second f.
Proof.
  intros [(Ht & Hc & _) Hs Hch _] [_ _ L3 L4 _ _] i Hi. destruct (placed_last (m_chunk_size l) fs ltac:(lia) L3 ltac:(lia)) as (j & f & Hf & E). exists j, f. split; [done|]. rewrite L4 in E. lia.
Qed.

(** ** The chunks that are wanted *)

Definition wanted (d : download_data) (i : Z) : bool := (Ranges.has i (m_normal_priority d) || Ranges.has i (m_high_priority d)) && negb (Bitfield.bit (m_completed_bitfield d) i).
Definition wanted_of (n : Z) (d : download_data) : Z := Z.of_nat (count (wanted d) (zrange 0 (Z.to_nat n))).

(** Canonical priorities inside the torrent *)
Record data_ok (n : Z) (d : download_data) : Prop := {
  do_ready : Bitfield.ready n (m_completed_bitfield d);
  do_high : Ranges.canon (m_high_priority d);
  do_normal : Ranges.canon (m_normal_priority d);
  do_inside x : Ranges.mem x (m_high_priority d) \/ Ranges.mem x (m_normal_priority d) -> x < n;
}.

Lemma missing_loop_ok n b steps : Bitfield.ready n b -> forall idx result, 0 <= idx -> idx + Z.of_nat steps <= n -> 0 <= result -> result + Z.of_nat steps < 2 ^ 32 ->
  missing_loop b steps idx result = Ok (result + Z.of_nat (count (fun x => negb (Bitfield.bit b x)) (zrange idx steps))).
Proof.
  intros Hr. pose proof (Bitfield.ready_size _ _ Hr). induction steps as [|steps IH]; intros idx result Hi Hle Hres Hlt; cbn [missing_loop]; [f_equal; cbn; lia|].
  rewrite (Bitfield.get_bit n) by (done || lia). cbn [mbind res_bind]. rewrite (u32_small (idx + 1)) by lia.
  assert (Hcons : zrange idx (S steps) = idx :: zrange (idx + 1) steps).
  { unfold zrange. cbn [seq fmap list_fmap]. f_equal; [lia|]. rewrite <- fmap_S_seq, <- list_fmap_compose. apply list_fmap_ext. intros ? ? _. cbn. lia. }
  rewrite Hcons, count_cons. destruct (Bitfield.bit b idx); cbn [negb b2z]; rewrite u32_small by lia; rewrite IH by lia; f_equal; lia.
Qed.

Lemma count_inside (p : Z -> bool) a b n : 0 <= a <= b -> b <= n ->
  count (fun x => ((a <=? x) && (x <? b)) && p x) (zrange 0 (Z.to_nat n)) = count p (zrange a (Z.to_nat (b - a))).
Proof.
  intros Ha Hb. assert (Hsplit : forall x m k, zrange x (m + k) = zrange x m ++ zrange (x + Z.of_nat m) k).
  { intros x m k. induction k as [|k IH]; [by rewrite Nat.add_0_r, app_nil_r|]. rewrite Nat.add_succ_r, !zrange_S, IH, <- app_assoc. do 3 f_equal. lia. }
  replace (Z.to_nat n) with (Z.to_nat a + (Z.to_nat (b - a) + Z.to_nat (n - b)))%nat by lia. rewrite !Hsplit, !count_app.
  assert (forall x m, (forall i, i ∈ zrange x m -> ((a <=? i) && (i <? b)) = false) -> count (fun x => ((a <=? x) && (x <? b)) && p x) (zrange x m) = 0%nat) as Hz.
  { intros x m Hout. apply count_zero, Forall_forall. intros i Hi. by rewrite (Hout i Hi). }
  rewrite (Hz 0), (Hz (_ + _ + _)); [|intros i Hi%elem_of_zrange; apply andb_false_iff; right; apply Z.ltb_ge; lia|intros i Hi%elem_of_zrange; apply andb_false_iff; left; apply Z.leb_gt; lia].
  rewrite Nat.add_0_r. cbn [Nat.add]. replace (0 + Z.of_nat (Z.to_nat a)) with a by lia. apply count_ext, Forall_forall. intros i Hi%elem_of_zrange.
  by rewrite (proj2 (Z.leb_le a i)), (proj2 (Z.ltb_lt i b)) by lia.
Qed.

Lemma missing_ok n b l : Bitfield.ready n b -> forall lo result, -1 <= lo -> Ranges.canon_from lo l -> (forall x, Ranges.mem x l -> x < n) -> 0 <= result <= lo + 1 ->
  missing b l result = Ok (result + Z.of_nat (count (fun x => Ranges.memb x l && negb (Bitfield.bit b x)) (zrange 0 (Z.to_nat n)))).
Proof.
  intros Hr. pose proof (Bitfield.ready_size _ _ Hr) as Hsz. induction l as [|r l IH]; intros lo result Hlo Hc Hin Hres; cbn [missing].
  - f_equal. assert (count (fun x => Ranges.memb x [] && negb (Bitfield.bit b x)) (zrange 0 (Z.to_nat n)) = 0%nat) as -> by (apply count_zero, Forall_forall; done). lia.
  - cbn [Ranges.canon_from] in Hc. destruct Hc as (H1 & H2 & H3). assert (Hr2 : r.2 <= n) by (pose proof (Hin (r.2 - 1) ltac:(cbn; left; lia)); lia).
    rewrite u32_small, (missing_loop_ok n) by (done || lia). cbn [mbind res_bind]. set (c := count _ (zrange r.1 _)).
    assert (Hcle : Z.of_nat c <= r.2 - r.1) by (unfold c; pose proof (count_le (fun x => negb (Bitfield.bit b x)) (zrange r.1 (Z.to_nat (r.2 - r.1)))) as Hle; unfold zrange in Hle at 2; rewrite length_fmap, length_seq in Hle; lia).
    rewrite (IH r.2) by (done || lia || (intros x Hx; apply Hin; cbn; by right)). f_equal. rewrite <- Z.add_assoc. f_equal. rewrite <- Nat2Z.inj_add. f_equal.
    unfold c. rewrite <- (count_inside (fun x => negb (Bitfield.bit b x)) r.1 r.2 n) by lia. rewrite <- count_orb.
    + apply count_ext, Forall_forall. intros x _. cbn [Ranges.memb existsb]. fold (Ranges.memb x l). unfold Ranges.memb. cbn [existsb]. by destruct (_ && (x <? r.2)), (existsb _ l), (negb _).
    + apply Forall_forall. intros x _. destruct (Ranges.memb x l) eqn:E; [|by rewrite andb_false_r]. apply Ranges.memb_mem in E. pose proof (Ranges.mem_lower _ _ _ H3 E).
      rewrite (proj2 (Z.ltb_ge x r.2)) by lia. by rewrite andb_false_r.
Qed.

Lemma calc_wanted_ok n d : data_ok n d -> calc_wanted_chunks d = Ok (wanted_of n d).
Proof.
  intros [Hr Hh Hn Hin]. pose proof (Bitfield.ready_size _ _ Hr) as Hsz. pose proof Hr as (_ & He & Esz). unfold calc_wanted_chunks. set (b := m_completed_bitfield d) in *.
  destruct (Bitfield.is_all_set b) eqn:Eall.
  { f_equal. unfold wanted_of. rewrite (proj2 (count_zero _ _)); [done|]. apply Forall_forall. intros x Hx%elem_of_zrange. unfold wanted. fold b.
    rewrite (proj1 (Bitfield.is_all_set_iff _ _ Hr) Eall x) by lia. by rewrite andb_false_r. }
  rewrite He, orb_false_r. set (u := Ranges.create_union _ _). destruct (Ranges.create_union_set (m_normal_priority d) (m_high_priority d) Hn Hh) as [Hcu Hmem]. fold u in Hcu, Hmem.
  assert (Hhas : forall x, Ranges.memb x u = Ranges.has x (m_normal_priority d) || Ranges.has x (m_high_priority d)).
  { intros x. apply eq_true_iff_eq. rewrite Ranges.memb_mem, Hmem, orb_true_iff, (Ranges.has_spec x _ (-1) Hn), (Ranges.has_spec x _ (-1) Hh). done. }
  assert (Hw : forall x, wanted d x = Ranges.memb x u && negb (Bitfield.bit b x)) by (intros x; unfold wanted; by rewrite Hhas).
  destruct (Bitfield.is_all_unset b) eqn:Eun.
  - change (Bitfield.size_bits b) with (Bitfield.m_size b). rewrite Esz, Ranges.intersect_distance_counts by (done || lia). rewrite Z.sub_0_r.
    assert (count (fun x => Ranges.has x u) (zrange 0 (Z.to_nat n)) = count (wanted d) (zrange 0 (Z.to_nat n))) as ->.
    { apply count_ext, Forall_forall. intros x Hx%elem_of_zrange. rewrite Hw, (proj1 (Bitfield.is_all_unset_iff _ _ Hr) Eun x) by lia. rewrite andb_true_r.
      apply eq_true_iff_eq. by rewrite (Ranges.has_spec x u (-1) Hcu), Ranges.memb_mem. }
    pose proof (count_le (wanted d) (zrange 0 (Z.to_nat n))) as Hle. unfold zrange in Hle at 2. rewrite length_fmap, length_seq in Hle.
    unfold Bitfield.size_unset. unfold Bitfield.is_all_unset in Eun. bool_prop. rewrite Eun, Esz, Z.sub_0_r, !u32_small, Z.min_l by lia. done.
  - rewrite (missing_ok n b u Hr (-1) 0) by (done || lia || (intros x [Hx|Hx]%Hmem; apply Hin; tauto)). rewrite Z.add_0_l. f_equal. unfold wanted_of. f_equal.
    apply count_ext, Forall_forall. intros x _. by rewrite Hw.
Qed.

(** ** What the priorities make of the chunks *)

Definition in_range (f : File) (x : Z) : Prop := range_first f <= x < range_second f.
(** The first or the last chunk of a file that asks for it first *)
Definition taken_first (f : File) (x : Z) : Prop :=
  has_flags flag_prioritize_first f = true /\ x = range_first f \/ has_flags flag_prioritize_last f = true /\ x = range_second f - 1.
Definition high_chunk (f : File) (x : Z) : Prop :=
  match m_priority f with PRIORITY_OFF => False | PRIORITY_HIGH => in_range f x | PRIORITY_NORMAL => in_range f x /\ taken_first f x end.
Definition normal_chunk (f : File) (x : Z) : Prop :=
  match m_priority f with PRIORITY_NORMAL => in_range f x /\ ~ taken_first f x | _ => False end.

Lemma range_insert_ok r l : 0 <= r.1 -> Ranges.canon l -> Ranges.canon (Ranges.insert r l) /\ forall x, Ranges.mem x (Ranges.insert r l) <-> Ranges.mem x l \/ r.1 <= x < r.2.
Proof.
  intros H0 Hc. destruct (decide (r.1 < r.2)) as [Hlt|Hge]; [apply Ranges.insert_spec; (done || lia)|].
  assert (Ranges.insert r l = l) as -> by (unfold Ranges.insert; by rewrite (proj2 (Z.leb_le _ _)) by lia). split; [done|]. intros x. split; [by left|]. intros [?|?]; [done|lia].
Qed.

Definition ranges_inside (n : Z) (fs : list File) : Prop := Forall (fun f => 0 <= range_first f <= range_second f /\ range_second f <= n) fs.

(** The ranges of a file of normal priority *)
Lemma normal_step f high normal n : 0 <= range_first f <= range_second f -> range_second f <= n -> n < 2 ^ 32 -> m_priority f = PRIORITY_NORMAL -> Ranges.canon high -> Ranges.canon normal ->
  let '(first, second) := m_range f in
  let take_first := has_flags flag_prioritize_first f && negb (first =? second) in
  let high' := if take_first then Ranges.insert (first, u32 (first + 1)) high else high in
  let first' := if take_first then u32 (first + 1) else first in
  let take_last := has_flags flag_prioritize_last f && negb (first' =? second) in
  let high'' := if take_last then Ranges.insert (u32 (second - 1), second) high' else high' in
  let second' := if take_last then u32 (second - 1) else second in
  let normal' := Ranges.insert (first', second') normal in
  Ranges.canon high'' /\ Ranges.canon normal' /\ (forall x, Ranges.mem x high'' <-> Ranges.mem x high \/ high_chunk f x) /\
  (forall x, Ranges.mem x normal' <-> Ranges.mem x normal \/ normal_chunk f x).
Proof.
  intros Hr Hn Hlt Hpr Hh Hno. unfold high_chunk, normal_chunk, taken_first, in_range, range_first, range_second in *. rewrite Hpr. destruct (m_range f) as [first second]. cbn [fst snd] in *. cbv zeta.
  destruct (first =? second) eqn:E; bool_prop.
  { subst second. rewrite !andb_false_r, Z.eqb_refl, andb_false_r. destruct (range_insert_ok (first, first) normal ltac:(cbn; lia) Hno) as [C1 M1]. cbn [fst snd] in M1.
    split_and!; [done|done|intros x; intuition lia|]. intros x. rewrite M1. intuition lia. }
  destruct (has_flags flag_prioritize_first f) eqn:F1; cbn [negb andb].
  - rewrite (u32_small (first + 1)) by lia. destruct (range_insert_ok (first, first + 1) high ltac:(cbn; lia) Hh) as [C1 M1]. cbn [fst snd] in M1.
    destruct (has_flags flag_prioritize_last f) eqn:F2; cbn [andb].
    + destruct (first + 1 =? second) eqn:E2; bool_prop; cbn [negb].
      * destruct (range_insert_ok (first + 1, second) normal ltac:(cbn; lia) Hno) as [C2 M2]. cbn [fst snd] in M2. split_and!; [done|done|intros x; rewrite M1; intuition lia|intros x; rewrite M2; intuition lia].
      * rewrite (u32_small (second - 1)) by lia. destruct (range_insert_ok (second - 1, second) _ ltac:(cbn; lia) C1) as [C2 M2]. cbn [fst snd] in M2.
        destruct (range_insert_ok (first + 1, second - 1) normal ltac:(cbn; lia) Hno) as [C3 M3]. cbn [fst snd] in M3.
        split_and!; [done|done|intros x; rewrite M2, M1; intuition lia|intros x; rewrite M3; intuition lia].
    + destruct (range_insert_ok (first + 1, second) normal ltac:(cbn; lia) Hno) as [C2 M2]. cbn [fst snd] in M2.
      split_and!; [done|done|intros x; rewrite M1; intuition (congruence || lia)|intros x; rewrite M2; intuition (congruence || lia)].
  - rewrite (proj2 (Z.eqb_neq first second)) by lia. cbn [negb]. destruct (has_flags flag_prioritize_last f) eqn:F2; cbn [andb].
    + rewrite (u32_small (second - 1)) by lia. destruct (range_insert_ok (second - 1, second) high ltac:(cbn; lia) Hh) as [C2 M2]. cbn [fst snd] in M2.
      destruct (range_insert_ok (first, second - 1) normal ltac:(cbn; lia) Hno) as [C3 M3]. cbn [fst snd] in M3.
      split_and!; [done|done|intros x; rewrite M2; intuition (congruence || lia)|intros x; rewrite M3; intuition (congruence || lia)].
    + destruct (range_insert_ok (first, second) normal ltac:(cbn; lia) Hno) as [C3 M3]. cbn [fst snd] in M3.
      split_and!; [done|done|intros x; intuition congruence|intros x; rewrite M3; intuition (congruence || lia)].
Qed.

Lemma priority_loop_ok n ids : n < 2 ^ 32 -> forall fs high normal w, loaded w ids fs -> ranges_inside n fs -> Ranges.canon high -> Ranges.canon normal ->
  exists high' normal', priority_loop ids high normal w = Ok (high', normal') /\ Ranges.canon high' /\ Ranges.canon normal' /\
    (forall x, Ranges.mem x high' <-> Ranges.mem x high \/ Exists (fun f => high_chunk f x) fs) /\
    (forall x, Ranges.mem x normal' <-> Ranges.mem x normal \/ Exists (fun f => normal_chunk f x) fs).
Proof.
  intros Hn. induction ids as [|id ids IH]; intros fs high normal w Hl Hin Hh Hno; inversion Hl as [|? f ? fs' Hf Hl']; subst; cbn [priority_loop].
  { exists high, normal. split_and!; [done|done|done|..]; intros x; rewrite Exists_nil; tauto. }
  rewrite (get_file_eq id w f Hf). cbn [mbind res_bind]. apply Forall_cons in Hin as [[Hr Hrn] Hin].
  assert (Hskip : forall high1 normal1, Ranges.canon high1 -> Ranges.canon normal1 -> (forall x, Ranges.mem x high1 <-> Ranges.mem x high \/ high_chunk f x) ->
    (forall x, Ranges.mem x normal1 <-> Ranges.mem x normal \/ normal_chunk f x) ->
    exists high' normal', priority_loop ids high1 normal1 w = Ok (high', normal') /\ Ranges.canon high' /\ Ranges.canon normal' /\
      (forall x, Ranges.mem x high' <-> Ranges.mem x high \/ Exists (fun f => high_chunk f x) (f :: fs')) /\
      (forall x, Ranges.mem x normal' <-> Ranges.mem x normal \/ Exists (fun f => normal_chunk f x) (f :: fs'))).
  { intros high1 normal1 C1 C2 M1 M2. destruct (IH fs' high1 normal1 w Hl' Hin C1 C2) as (h & no & -> & C3 & C4 & M3 & M4). exists h, no.
    split_and!; [done|done|done|..]; intros x; rewrite Exists_cons; [rewrite M3, M1|rewrite M4, M2]; tauto. }
  destruct (m_priority f) eqn:Ep.
  - apply Hskip; [done|done|..]; intros x; unfold high_chunk, normal_chunk; rewrite Ep; tauto.
  - pose proof (normal_step f high normal n Hr Hrn Hn Ep Hh Hno) as Hs. destruct (m_range f) as [first second]. cbv zeta in Hs. destruct Hs as (C1 & C2 & M1 & M2). by apply Hskip.
  - destruct (range_insert_ok (m_range f) high ltac:(unfold range_first in Hr; lia) Hh) as [C1 M1].
    apply Hskip; [done|done|..]; intros x; unfold high_chunk, normal_chunk; rewrite Ep; [by rewrite M1|tauto].
Qed.

Lemma placed_inside l w fs : layout l w fs -> ranges_inside (size_chunks l) fs.
Proof.
  intros [_ _ L3 L4 (Ht & Hc & _) L6]. apply Forall_lookup. intros i f Hf. destruct (placed_own _ fs i f (proj1 Hc) L3 Hf) as (Ho & Er & Hs).
  assert (Hend : m_offset f + m_size f <= m_torrent_size l).
  { rewrite (placed_offset _ fs i f L3 Hf), <- L4. rewrite <- (take_drop_middle fs i f Hf) at 2. rewrite total_app. cbn [total]. rewrite <- (take_drop_middle fs i f Hf) in L3.
    apply placed_app in L3 as [_ L3]. cbn [placed] in L3. destruct L3 as (_ & _ & _ & L3). apply placed_nonneg in L3. lia. }
  unfold range_first, range_second. rewrite Er. unfold range_of. assert (0 <= m_offset f / m_chunk_size l) by (apply Z.div_pos; lia).
  pose proof (floor_le_ceil (m_offset f) _ (proj1 Hc)). pose proof (ceil_div_mono (m_offset f) (m_offset f + m_size f) _ (proj1 Hc) ltac:(lia)). pose proof (ceil_div_mono _ _ _ (proj1 Hc) Hend).
  destruct (m_size f =? 0); cbn [fst snd]; lia.
Qed.

(** ** Counting and wanting together *)

Definition list_ok (l : file_list) (w : world) (fs : list File) : Prop := layout l w fs /\ counted l /\ data_ok (size_chunks l) (m_data l).

Lemma layout_counts l w fs w' c : layout l w fs -> loaded w' (fl l) (with_counts c fs) -> layout l w' (with_counts c fs).
Proof.
  intros [L1 L2 L3 L4 L5 L6] Hl. constructor; [done|done| | |done|done].
  - eapply placed_keeps; [apply with_counts_keeps|done].
  - by rewrite (total_keeps _ _ (with_counts_keeps c fs)).
Qed.

Lemma layout_data l w fs d : layout l w fs -> Bitfield.size_bits (m_completed_bitfield d) = size_chunks l -> layout (set_data d l) w fs.
Proof. intros [L1 L2 L3 L4 L5 L6] E. constructor; try done. unfold size_chunks, bitfield. cbn. by rewrite E. Qed.

(** The counts that [update_completed] leaves: exact when everything is done. *)
Definition file_done (l : file_list) (f : File) : Z :=
  if Bitfield.is_all_set (bitfield l) then range_second f - range_first f else done_of l f (Z.to_nat (size_chunks l)).

Lemma update_completed_ok l w fs : list_ok l w fs ->
  exists w' c, update_completed l w = Ok (set_data (set_wanted_chunks (wanted_of (size_chunks l) (m_data l)) (m_data l)) l, w') /\ loaded w' (fl l) (with_counts c fs) /\
    (forall i f, fs !! i = Some f -> 0 < m_size f -> c i = file_done l f).
Proof.
  intros (Hly & Hc & Hd). pose proof Hly as [L1 L2 L3 L4 L5 L6]. pose proof Hc as [(Ht & Hcs & _) Hs Hch Hr]. pose proof (Bitfield.ready_size _ _ Hr) as Hsz.
  unfold update_completed. rewrite (Bitfield.ready_tail_cleared _ _ Hr). cbn [mbind res_bind negb throw_when]. unfold update_wanted_chunks. rewrite (calc_wanted_ok _ _ Hd). cbn [mbind res_bind].
  set (d := set_wanted_chunks _ (m_data l)). set (l' := set_data d l). change (bitfield l') with (bitfield l). change (fl l') with (fl l). unfold file_done.
  destruct (Bitfield.is_all_set (bitfield l)) eqn:Eall.
  - destruct (set_all_completed_ok File.size_chunks (fl l) fs w L1 L2) as (w' & -> & Hl & _); [done|]. cbn [mbind res_bind]. rewrite fmap_counts in Hl. eexists w', _. split_and!; [done|exact Hl|].
    intros i f Hf _. cbv beta. rewrite Hf. cbn [from_option]. pose proof (proj1 (Forall_lookup _ _) (placed_inside l w fs Hly) i f Hf) as Hin. cbn beta in Hin. unfold File.size_chunks. apply u32_small. lia.
  - destruct (set_all_completed_ok (fun _ => 0) (fl l) fs w L1 L2) as (w1 & -> & Hl & _); [done|]. cbn [mbind res_bind]. rewrite fmap_counts in Hl.
    destruct (Bitfield.is_all_unset (bitfield l)) eqn:Eun.
    + eexists w1, _. split_and!; [done|exact Hl|]. intros i f Hf _. cbv beta. rewrite Hf. cbn [from_option]. unfold done_of. rewrite (proj2 (count_zero _ _)); [done|].
      apply Forall_forall. intros x Hx%elem_of_zrange. unfold bit_of. rewrite (proj1 (Bitfield.is_all_unset_iff _ _ Hr) Eun x) by lia. done.
    + destruct (completed_loop_ok l' fs (Z.to_nat (size_chunks l)) L2 ltac:(cbn; lia) L3 Hr (chunk_has_file l w fs Hc Hly) 0 0 _ w1 eq_refl Hl) as (w' & c & E & Hl' & Hcnt); [lia|lia| |].
      { intros i f Hf _. cbv beta. by rewrite Hf. }
      change (Bitfield.size_bits (bitfield l)) with (size_chunks l). change 0 with (Z.of_nat 0) at 1. rewrite E. cbn [mbind res_bind]. exists w', c. split_and!; [done|done|]. intros i f Hf Hsf. by rewrite (Hcnt i f Hf Hsf).
Qed.

Lemma data_ok_set n d b w : data_ok n d -> Bitfield.ready n b -> data_ok n (set_wanted_chunks w (set_bitfield b d)).
Proof. intros [A B C D] Hb. by constructor. Qed.

Lemma wanted_of_le n d : 0 <= n -> 0 <= wanted_of n d <= n.
Proof. intros Hn. unfold wanted_of. pose proof (count_le (wanted d) (zrange 0 (Z.to_nat n))) as Hle. unfold zrange in Hle at 2. rewrite length_fmap, length_seq in Hle. lia. Qed.

(** A chunk that is done is not wanted any more. *)
Lemma wanted_mark n d b index : 0 <= index < n -> Bitfield.bit (m_completed_bitfield d) index = false ->
  (forall i, 0 <= i < n -> Bitfield.bit b i = (index =? i) || Bitfield.bit (m_completed_bitfield d) i) ->
  wanted_of n d = wanted_of n (set_bitfield b d) + (if Ranges.has index (m_normal_priority d) || Ranges.has index (m_high_priority d) then 1 else 0).
Proof.
  intros Hi Hbit Hbits. unfold wanted_of. set (pr := Ranges.has index _ || _). assert (Hex : count (wanted d) (zrange 0 (Z.to_nat n)) =
    (count (wanted (set_bitfield b d)) (zrange 0 (Z.to_nat n)) + count (fun x => (index =? x)%Z && pr) (zrange 0 (Z.to_nat n)))%nat).
  { rewrite <- count_orb; [apply count_ext|]; apply Forall_forall; intros x Hx%elem_of_zrange; unfold wanted; cbn [set_bitfield m_completed_bitfield m_normal_priority m_high_priority]; rewrite Hbits by lia.
    - destruct (index =? x) eqn:E; bool_prop; [subst x; rewrite Hbit; cbn [orb negb andb]; rewrite !andb_false_r, andb_true_r; done|]. cbn [orb andb]. by rewrite orb_false_r.
    - destruct (index =? x); cbn [orb negb andb]; [by rewrite andb_false_r|]. by rewrite andb_false_r. }
  rewrite Hex, Nat2Z.inj_add. f_equal. pose proof (count_interval index (index + 1) 0 (Z.to_nat n)) as Hone. destruct pr.
  - rewrite (count_ext _ (fun x => (index <=? x) && (x <? index + 1))); [rewrite Hone; lia|]. apply Forall_forall. intros x _. rewrite andb_true_r. apply eq_true_iff_eq. rewrite andb_true_iff, Z.eqb_eq, Z.leb_le, Z.ltb_lt. lia.
  - rewrite (proj2 (count_zero _ _)); [done|]. apply Forall_forall. intros x _. by rewrite andb_false_r.
Qed.

Lemma mark_completed_ok l w fs index : list_ok l w fs -> 0 <= index < size_chunks l -> bit_of l index = false -> m_wanted_chunks (m_data l) = wanted_of (size_chunks l) (m_data l) ->
  exists l' w' c, mark_completed index l w = Ok (l', w') /\ loaded w' (fl l') (with_counts c fs) /\ list_ok l' w' (with_counts c fs) /\
    size_chunks l' = size_chunks l /\ m_wanted_chunks (m_data l') = wanted_of (size_chunks l) (m_data l') /\ (forall i, 0 <= i < size_chunks l -> bit_of l' i = (index =? i) || bit_of l i) /\
    (forall i f, fs !! i = Some f -> 0 < m_size f -> c i = if counts_chunk (m_chunk_size l) f index then u32 (m_completed f + 1) else m_completed f).
Proof.
  intros (Hly & Hc & Hd) Hi Hbit Hw. pose proof Hly as [L1 L2 L3 L4 L5 L6]. pose proof Hc as [(Ht & Hcs & Hn) Hs Hch Hr]. pose proof (Bitfield.ready_size _ _ Hr) as Hsz. pose proof Hr as (_ & He & Esz).
  assert (Hlt : completed_chunks l < size_chunks l).
  { unfold completed_chunks. rewrite (size_set_count _ _ Hr). assert (Hne : Bitfield.is_all_set (bitfield l) <> true) by (intros Hall; rewrite (Bitfield.is_all_set_iff _ _ Hr) in Hall; specialize (Hall index Hi); unfold bit_of in Hbit; congruence).
    pose proof (count_le (Bitfield.bit (bitfield l)) (zrange 0 (Z.to_nat (size_chunks l)))) as Hle. unfold zrange in Hle at 2. rewrite length_fmap, length_seq in Hle.
    unfold Bitfield.is_all_set in Hne. rewrite Esz in Hne. change (Bitfield.m_set (bitfield l)) with (Bitfield.size_set (bitfield l)) in Hne. rewrite (size_set_count _ _ Hr) in Hne. rewrite Z.eqb_eq in Hne. lia. }
  unfold mark_completed. rewrite (proj2 (Z.leb_gt (size_chunks l) index)), (proj2 (Z.leb_gt (size_chunks l) (completed_chunks l))) by lia. cbn [orb throw_when mbind res_bind]. rewrite He. cbn [throw_when mbind res_bind].
  change (Bitfield.size_bits (bitfield l)) with (size_chunks l). rewrite Z.eqb_refl. cbn [negb throw_when mbind res_bind]. rewrite (Bitfield.get_bit _ _ index Hr Hi). cbn [mbind res_bind].
  change (Bitfield.bit (bitfield l) index) with (bit_of l index). rewrite Hbit. cbn [throw_when mbind res_bind]. change (Bitfield.size_set (bitfield l)) with (completed_chunks l).
  rewrite (proj2 (Z.leb_gt (size_chunks l) _)) by lia. cbn [throw_when mbind res_bind]. destruct (Bitfield.set_bit _ _ index Hr Hi) as (b & -> & Hrb & Hbits). cbn [mbind res_bind].
  set (l1 := set_data (set_bitfield b (m_data l)) l). assert (Hcount : fs = with_counts (fun i => from_option m_completed 0 (fs !! i)) fs).
  { rewrite <- fmap_counts. symmetry. rewrite <- (list_fmap_id fs) at 2. apply list_fmap_ext. intros ? f _. by destruct f. }
  destruct (inc_completed_ok l1 fs (m_chunk_size l) index 0 (fun i => from_option m_completed 0 (fs !! i)) w) as (k & w1 & c & -> & Hl1 & _ & _ & Hcnt);
    [by rewrite <- Hcount|done|lia|done|lia|lia|lia|by eapply chunk_has_file|]. cbn [mbind res_bind].
  assert (Hchunks : size_chunks l1 = size_chunks l) by (destruct Hrb as (_ & _ & E); exact E).
  assert (Hok : forall v, list_ok (set_data (set_wanted_chunks v (m_data l1)) l1) w1 (with_counts c fs)).
  { intros v. split_and!.
    - apply (layout_counts _ w); [|exact Hl1]. by apply layout_data; [apply layout_data|].
    - constructor; [done|done|exact (eq_trans Hchunks Hch)|]. change (size_chunks (set_data _ l1)) with (size_chunks l1). by rewrite Hchunks.
    - change (size_chunks (set_data _ l1)) with (size_chunks l1). rewrite Hchunks. by apply data_ok_set. }
  assert (Hbit1 : forall i, 0 <= i < size_chunks l -> bit_of l1 i = (index =? i) || bit_of l i) by (intros i Hi'; by apply Hbits).
  assert (Hcnt' : forall i f, fs !! i = Some f -> 0 < m_size f -> c i = if counts_chunk (m_chunk_size l) f index then u32 (m_completed f + 1) else m_completed f)
    by (intros i f Hf Hsf; rewrite (Hcnt i f Hf Hsf), Hf; done).
  set (pr := Ranges.has index (m_normal_priority (m_data l1)) || Ranges.has index (m_high_priority (m_data l1))).
  assert (Hwant : wanted_of (size_chunks l) (m_data l) = wanted_of (size_chunks l) (m_data l1) + (if pr then 1 else 0)).
  { apply (wanted_mark (size_chunks l) (m_data l) b index Hi Hbit Hbit1). }
  destruct pr.
  - pose proof (Hw) as Hw'. rewrite Hwant in Hw'. assert (0 <= wanted_of (size_chunks l) (m_data l1)) by (unfold wanted_of; lia).
    change (m_wanted_chunks (m_data l1)) with (m_wanted_chunks (m_data l)). rewrite Hw', (proj2 (Z.eqb_neq _ 0)) by lia. cbn [throw_when mbind res_bind].
    pose proof (wanted_of_le (size_chunks l) (m_data l1) ltac:(lia)).
    eexists _, w1, c. split; [reflexivity|]. split_and!; [done|apply Hok|exact Hchunks| |done|done]. cbn [set_data m_data set_wanted_chunks m_wanted_chunks]. rewrite u32_small by lia.
    change (wanted_of (size_chunks l) (set_wanted_chunks _ (m_data l1))) with (wanted_of (size_chunks l) (m_data l1)). lia.
  - exists l1, w1, c. split_and!; [done|done| |done| |done|done].
    + specialize (Hok (m_wanted_chunks (m_data l))). exact Hok.
    + change (m_wanted_chunks (m_data l1)) with (m_wanted_chunks (m_data l)). lia.
Qed.

(** ** Opening the list *)

Definition there (w : world) (ids : list nat) : Prop := forall id, id ∈ ids -> is_Some (w_files w !! id).
Definition stays (w w' : world) : Prop := forall id, is_Some (w_files w !! id) -> is_Some (w_files w' !! id).

#[export] Instance stays_refl : Reflexive stays.
Proof. by intros w id. Qed.
#[export] Instance stays_trans : Transitive stays.
Proof. intros u v w H1 H2 id Hid. by apply H2, H1. Qed.

Lemma there_stays w w' ids : there w ids -> stays w w' -> there w' ids.
Proof. intros Ht Hs id Hid. by apply Hs, Ht. Qed.

Lemma stays_set w id f : stays w (set_file id f w).
Proof. intros j Hj. cbn. destruct (decide (id = j)) as [<-|Hne]; [rewrite lookup_insert_eq; by eexists|by rewrite lookup_insert_ne]. Qed.

Lemma stays_kept w w' : places_kept w w' -> stays w w'.
Proof. intros Hk id (f & Hf). destruct (Hk id f Hf) as (g & Hg & _). by exists g. Qed.

Lemma open_file_ok env id lastPath flags l w f : opens_valid (fs_files env) -> fm_ok w -> w_files w !! id = Some f -> m_path f <> [] ->
  exists done links w', open_file env id lastPath flags l w = Ok (done, set_links links l, w') /\ fm_ok w' /\ stays w w'.
Proof.
  intros Henv Hw Hf Hp. unfold open_file. rewrite (get_file_eq id w f Hf). cbn [mbind res_bind].
  assert (exists links failed, (if Z.land flags open_no_create =? 0 then make_directory env (m_path f) (common (m_path f) lastPath) l else (l, false)) = (set_links links l, failed)) as (links & failed & ->).
  { destruct (_ =? 0); [|exists (m_indirect_links l), false; by destruct l]. unfold make_directory. destruct (directory_loop _ _ _ _ _) as [links failed]. by exists links, failed. }
  destruct failed; [by exists None, links, w|]. destruct (last (m_path f)) as [back|] eqn:El; [|by apply last_None in El]. cbn [of_deref mbind res_bind].
  destruct (length back =? 0)%nat; [by eexists _, links, w|].
  assert (Hpr : 0 < prot_read < 4) by done. destruct (prepare_ok (fs_files env) id prot_read w f Henv Hw Hf Hpr) as (b & w1 & g & E & Hw1 & _).
  destruct (prepare_places _ _ _ _ _ _ Henv Hw Hpr E) as [Hk _]. rewrite E. cbn [mbind res_bind]. apply stays_kept in Hk.
  destruct (fs_stat env (m_frozen_path f)) as [[[] size]|]; [by exists (Some b), links, w1|by eexists _, links, w|by exists (Some b), links, w1].
Qed.

Lemma open_loop_ok env flags ids : opens_valid (fs_files env) -> forall lastPath pathSet l w, fm_ok w -> there w ids ->
  exists failed links w', open_loop env flags ids lastPath pathSet l w = Ok (failed, set_links links l, w') /\ fm_ok w' /\ stays w w'.
Proof.
  intros Henv. induction ids as [|id ids IH]; intros lastPath pathSet l w Hw Ht; cbn [open_loop].
  { exists false, (m_indirect_links l), w. by destruct l. }
  destruct (Ht id (list_elem_of_here _ _)) as (f & Hf). rewrite (get_file_eq id w f Hf). cbn [mbind res_bind]. assert (Ht' : there w ids) by (intros j Hj; apply Ht; by right).
  assert (Hfail : forall w', fm_ok w' -> stays w w' -> exists failed links w'', Ok (true, l, w') = Ok (failed, set_links links l, w'') /\ fm_ok w'' /\ stays w w'').
  { intros w' Hw' Hs. exists true, (m_indirect_links l), w'. by destruct l. }
  destruct (is_open f || is_padding f); [by apply IH|]. destruct (last (m_path f)) as [back|] eqn:El; [|by apply Hfail].
  set (f1 := set_frozen_path _ f). assert (Hw1 : fm_ok (set_file id f1 w)) by (by apply (set_file_ok w id f)). assert (Hs1 : stays w (set_file id f1 w)) by apply stays_set.
  destruct (bool_decide _); [by apply Hfail|]. destruct (m_max_file_size l <? m_size f1); [by apply Hfail|].
  set (f2 := set_flags_protected flag_active f1). set (w2 := set_file id f2 (set_file id f1 w)).
  assert (Hw2 : fm_ok w2) by (apply (set_file_ok _ id f1); [done|cbn; apply lookup_insert_eq|by apply padding_or|done]). assert (Hs2 : stays w w2) by (etrans; [exact Hs1|apply stays_set]).
  assert (Hp2 : m_path f2 <> []) by (change (m_path f <> []); intros E; by rewrite E in El).
  destruct (open_file_ok env id lastPath flags l w2 f2 Henv Hw2 (lookup_insert_eq _ _ _) Hp2) as (opened & links & w3 & -> & Hw3 & Hs3). cbn [mbind res_bind].
  assert (Hs : stays w w3) by (by etrans). assert (Hend : exists failed links' w', Ok (true, set_links links l, w3) = Ok (failed, set_links links' l, w') /\ fm_ok w' /\ stays w w') by (by exists true, links, w3).
  assert (Hnext : forall lp ps, exists failed links' w', open_loop env flags ids lp ps (set_links links l) w3 = Ok (failed, set_links links' l, w') /\ fm_ok w' /\ stays w w').
  { intros lp ps. destruct (IH lp ps (set_links links l) w3 Hw3) as (failed & links' & w' & -> & H1 & H2); [by eapply there_stays|]. exists failed, links', w'. split_and!; [done|done|by etrans]. }
  destruct opened as [[]|]; [apply Hnext| |exact Hend]. destruct (_ =? 0); [exact Hend|apply Hnext].
Qed.

Definition inactive (w : world) (id : nat) : Prop := exists f, w_files w !! id = Some f /\ has_flags flag_active f = false.

Lemma deactivate_ok ids : forall w, fm_ok w -> there w ids -> exists w', deactivate ids w = Ok w' /\ fm_ok w' /\ stays w w' /\
  (forall id, id ∈ ids \/ inactive w id -> inactive w' id).
Proof.
  induction ids as [|id ids IH]; intros w Hw Ht; cbn [deactivate].
  { exists w. split_and!; [done|done|done|]. by intros id [?%elem_of_nil|?]. }
  destruct (Ht id (list_elem_of_here _ _)) as (f & Hf). rewrite (get_file_eq id w f Hf). cbn [mbind res_bind]. set (g := unset_flags_protected flag_active f).
  assert (Hg : has_flags flag_active g = false) by (unfold has_flags, g; cbn; rewrite <- Z.land_assoc; cbn; by rewrite Z.land_0_r).
  destruct (IH (set_file id g w)) as (w' & -> & Hw' & Hs & Hi); [apply (set_file_ok w id f); [done|done|by apply padding_and|done]|intros j Hj; apply stays_set, Ht; by right|].
  exists w'. split_and!; [done|done|etrans; [apply stays_set|exact Hs]|]. intros j Hj. destruct (decide (id = j)) as [<-|Hne].
  - apply Hi. right. exists g. split; [cbn; apply lookup_insert_eq|done].
  - destruct Hj as [[Hj|Hj]%elem_of_cons|(h & Hh & Hhf)]; [congruence|apply Hi; by left|]. apply Hi. right. exists h. split; [cbn; by rewrite lookup_insert_ne|done].
Qed.

(** Nothing of the list is open or active. *)
Definition all_shut (w : world) (ids : list nat) : Prop :=
  forall id, id ∈ ids -> exists f, w_files w !! id = Some f /\ has_flags flag_active f = false /\ (is_padding f = true \/ is_open f = false).

Lemma shut_ok ids w : fm_ok w -> there w ids -> exists w', (w ← deactivate ids w; close_files ids w) = Ok w' /\ fm_ok w' /\ stays w w' /\ all_shut w' ids.
Proof.
  intros Hw Ht. destruct (deactivate_ok ids w Hw Ht) as (w1 & -> & Hw1 & Hs1 & Hi1). cbn [mbind res_bind].
  destruct (close_files_ok ids w1 (fo_manager _ Hw1) (there_stays _ _ _ Ht Hs1)) as (w2 & -> & H1 & H2 & H3). exists w2.
  assert (Hs2 : stays w1 w2) by (apply stays_kept, places_kept_closed, closed_made_room; done).
  split_and!; [done| |by etrans|].
  - apply (fm_ok_closed w1); [done|done|done|]. unfold open_files, zlen. apply inj_le, submseteq_length, NoDup_submseteq; [apply (mk_nodup _ H1)|]. intros j Hj. by apply H3 in Hj as [? _].
  - intros id Hid. destruct (Hi1 id (or_introl Hid)) as (f & Hf & Ha). assert (Hno : id ∉ fm_open w2) by (intros [_ Hn]%H3; done).
    assert (Hsh : forall g, w_files w2 !! id = Some g -> is_padding g = true \/ is_open g = false).
    { intros g Hg. destruct (is_padding g) eqn:Ep; [by left|right]. destruct (is_open g) eqn:Eo; [|done]. exfalso. apply Hno, (mk_open _ H1). by exists g. }
    destruct (cs_files _ _ H2 id) as [E|(g & E & E')]; [exists f; rewrite E; split_and!; [done|done|apply Hsh; congruence]|].
    assert (g = f) as -> by congruence. exists (set_open (-1) 0 f). split_and!; [done|done|by apply Hsh].
Qed.

(** What opening leaves: all of it open, or nothing. *)
Definition opened_or_shut (l : file_list) (failed : bool) (l' : file_list) (w' : world) : Prop :=
  fl l' = fl l /\ m_is_open l' = negb failed /\ (if failed then all_shut w' (fl l) else m_frozen_root_dir l' = m_root_dir l).

Lemma open_once_ok env flags l w : opens_valid (fs_files env) -> fm_ok w -> there w (fl l) -> m_root_dir l <> [] ->
  exists failed l' w', open_once env flags l w = Ok (failed, l', w') /\ fm_ok w' /\ stays w w' /\ opened_or_shut l failed l' w' /\
    bitfield l' = bitfield l /\ m_torrent_size l' = m_torrent_size l /\ m_root_dir l' = m_root_dir l.
Proof.
  intros Henv Hw Ht Hroot. unfold open_once. rewrite (proj2 (Nat.eqb_neq (length (m_root_dir l)) 0)) by (by destruct (m_root_dir l)). cbn [throw_when mbind res_bind].
  set (l1 := set_links _ l). set (bad := (Z.land flags open_no_create =? 0) && negb (make_root_path env l1)).
  assert (exists failed links w1, (if bad then Ok (true, l1, w) else open_loop env flags (fl l1) [] [] l1 w) = Ok (failed, set_links links l, w1) /\ fm_ok w1 /\ stays w w1) as (failed & links & w1 & -> & Hw1 & Hs1).
  { destruct bad; [by eexists true, _, w|]. destruct (open_loop_ok env flags (fl l1) Henv [] [] l1 w Hw Ht) as (failed & links & w1 & -> & H). by exists failed, links, w1. }
  cbn [mbind res_bind]. destruct failed.
  - destruct (shut_ok (fl l) w1 Hw1 (there_stays _ _ _ Ht Hs1)) as (w2 & E & Hw2 & Hs2 & Hshut). change (fl (set_links links l)) with (fl l).
    destruct (deactivate (fl l) w1) as [wd| |]; [|done|done]. cbn [mbind res_bind] in E |- *. rewrite E. cbn [mbind res_bind].
    eexists true, _, w2. split; [reflexivity|]. split_and!; try done. by etrans.
  - eexists false, _, w1. split; [reflexivity|]. split_and!; done.
Qed.

Lemma list_close_ok l w : fm_ok w -> there w (fl l) ->
  exists l' w', close l w = Ok (l', w') /\ fm_ok w' /\ stays w w' /\ fl l' = fl l /\ m_is_open l' = false /\ m_root_dir l' = m_root_dir l /\
    Bitfield.m_size (bitfield l') = Bitfield.m_size (bitfield l) /\ (m_is_open l = true -> all_shut w' (fl l) /\ m_indirect_links l' = [] /\ Bitfield.empty (bitfield l') = true) /\
    (Bitfield.shape (bitfield l) -> Bitfield.shape (bitfield l')).
Proof.
  intros Hw Ht. unfold close. destruct (m_is_open l) eqn:Eo; cbn [negb]; [|exists l, w; split_and!; done].
  destruct (shut_ok (fl l) w Hw Ht) as (w2 & E & Hw2 & Hs2 & Hshut). destruct (deactivate (fl l) w) as [wd| |]; [|done|done]. cbn [mbind res_bind] in E |- *. rewrite E. cbn [mbind res_bind].
  eexists _, w2. split; [reflexivity|]. split_and!; try done. intros [Hsz _]. split; [done|exact I].
Qed.

Definition sane_stat (env : fs_env) : Prop := forall path regular size, fs_stat env path = Some (regular, size) -> 0 <= size < 2 ^ 63.

Lemma found_size_ok env l w id ids f : sane_stat env -> fl l = id :: ids -> w_files w !! id = Some f ->
  exists size, found_size env l w = Ok size /\ (forall n, size = Some n -> 1 < n < 2 ^ 63 /\ m_torrent_size l < 2).
Proof.
  intros Hstat Hfl Hf. unfold found_size. destruct (size_bytes l <? 2) eqn:E; [|by exists None]. bool_prop. unfold file_at. rewrite Hfl. cbn [lookup list_lookup of_deref mbind res_bind].
  rewrite (get_file_eq id w f Hf). cbn [mbind res_bind]. eexists. split; [reflexivity|]. intros n Hn. destruct (fs_stat env _) as [[r size]|] eqn:Es; [|done]. apply Hstat in Es.
  destruct (1 <? size) eqn:E1; [|done]. bool_prop. injection Hn as <-. split; [lia|done].
Qed.

Lemma allocated_unset b : Bitfield.shape b -> exists b', Bitfield.unset_all (Bitfield.allocate b) = Ok b' /\ Bitfield.m_size b' = Bitfield.m_size b.
Proof.
  intros [Hsz Hs]. unfold Bitfield.unset_all, Bitfield.fill, Bitfield.allocate. pose proof (Bitfield.size_bytes_bound b Hsz) as Hb. destruct (Bitfield.m_data b) as [d|] eqn:Ed.
  - rewrite Ed, (proj2 (Z.ltb_ge _ _)) by lia. cbn [ub_when mbind res_bind]. by eexists.
  - cbn [Bitfield.m_data]. change (Bitfield.size_bytes (Bitfield.mkBitfield _ _ _)) with (Bitfield.size_bytes b).
    rewrite (proj2 (Z.ltb_ge _ _)) by (unfold zlen; rewrite length_replicate; lia). cbn [ub_when mbind res_bind]. by eexists.
Qed.

Lemma list_open_ok env flags l w : opens_valid (fs_files env) -> sane_stat env -> fm_ok w -> there w (fl l) -> m_root_dir l <> [] -> fl l <> [] -> Bitfield.shape (bitfield l) ->
  exists failed l' w', open env flags l w = Ok (failed, l', w') /\ fm_ok w' /\ stays w w' /\ opened_or_shut l failed l' w'.
Proof.
  intros Henv Hstat Hw Ht Hroot Hne Hshape. unfold open. cbn [open_fuel].
  destruct (open_once_ok env flags l w Henv Hw Ht Hroot) as (failed & l1 & w1 & -> & Hw1 & Hs1 & Ho1 & Hb1 & Et1 & Er1). cbn [mbind res_bind].
  destruct failed; [by exists true, l1, w1|]. pose proof Ho1 as (Efl1 & Eop1 & Efr1). destruct (fl l) as [|id ids] eqn:Efl; [done|].
  destruct (Hs1 id (Ht id (list_elem_of_here _ _))) as (f & Hf). destruct (found_size_ok env l1 w1 id ids f Hstat Efl1 Hf) as (size & -> & Hsize). cbn [mbind res_bind].
  destruct size as [n|]; [|exists false, l1, w1; split_and!; try done; unfold opened_or_shut; rewrite Efl; done]. destruct (Hsize n eq_refl) as [Hn _]. unfold reset_sizes.
  destruct (list_close_ok l1 w1 Hw1) as (l2 & w2 & -> & Hw2 & Hs2 & Efl2 & _ & Er2 & Esz2 & _ & Hsh2); [rewrite Efl1; by eapply there_stays|]. cbn [mbind res_bind].
  set (l3 := set_sizes _ _ l2). unfold update_at. change (fl l3) with (fl l2). rewrite Efl2, Efl1. cbn [lookup list_lookup of_deref mbind res_bind].
  destruct (Hs2 id ltac:(by exists f)) as (g & Hg). rewrite (get_file_eq id w2 g Hg). cbn [mbind res_bind]. set (g' := set_range _ _). set (w3 := set_file id g' w2).
  change (bitfield l3) with (bitfield l2). assert (Hshape2 : Bitfield.shape (bitfield l2)) by (apply Hsh2; by rewrite Hb1).
  destruct (allocated_unset (bitfield l2) Hshape2) as (b & -> & Hsb). cbn [mbind res_bind]. set (l4 := set_data _ l3).
  assert (Hw3 : fm_ok w3) by (by apply (set_file_ok w2 id g)). assert (Hs3 : stays w w3) by (etrans; [exact Hs1|]; etrans; [exact Hs2|apply stays_set]).
  assert (Efl4 : fl l4 = id :: ids) by (change (fl l4) with (fl l2); congruence). assert (Er4 : m_root_dir l4 = m_root_dir l) by (change (m_root_dir l4) with (m_root_dir l2); congruence).
  destruct (open_once_ok env open_no_create l4 w3 Henv Hw3) as (failed & l5 & w5 & -> & Hw5 & Hs5 & Ho5 & _ & Et5 & _); [rewrite Efl4; by eapply there_stays|by rewrite Er4|]. cbn [mbind res_bind].
  assert (Hres : opened_or_shut l failed l5 w5) by (destruct Ho5 as (A & B & C); unfold opened_or_shut; rewrite Efl; rewrite Efl4 in A, C; split_and!; [done|done|destruct failed; [done|congruence]]).
  destruct failed; [exists true, l5, w5; split_and!; [done|done|by etrans|done]|].
  destruct (Hs5 id ltac:(cbn; rewrite lookup_insert_eq; by eexists)) as (h & Hh). destruct (found_size_ok env l5 w5 id ids h Hstat) as (size & -> & Hsize5); [destruct Ho5; congruence|done|]. cbn [mbind res_bind].
  destruct size as [m|]; [destruct (Hsize5 m eq_refl) as [_ Hlt]; rewrite Et5 in Hlt; cbn in Hlt; rewrite u64_small in Hlt by lia; lia|].
  exists false, l5, w5. split_and!; [done|done|by etrans|done].
Qed.

(** The chunks of a file are counted right unless it starts at a chunk. *)
Definition in_file (f : File) (x : Z) : bool := (range_first f <=? x) && (x <? range_second f).

Lemma counts_chunk_exact cs fs i f x : 0 < cs -> placed cs 0 fs -> fs !! i = Some f -> m_offset f = 0 \/ m_offset f mod cs <> 0 -> 0 <= x -> counts_chunk cs f x = in_file f x.
Proof.
  intros Hcs Hp Hf Hoff Hx. destruct (placed_own cs fs i f Hcs Hp Hf) as (Ho & Er & _). unfold counts_chunk, in_file. f_equal. unfold range_first. rewrite Er. unfold range_of, count_from.
  assert (E : fst (if m_size f =? 0 then (m_offset f / cs, m_offset f / cs) else (m_offset f / cs, ceil_div (m_offset f + m_size f) cs)) = m_offset f / cs) by (by destruct (_ =? 0)). rewrite E.
  destruct Hoff as [E0|Hne]; [rewrite E0; unfold ceil_div; rewrite !Z.div_small by lia; apply eq_true_iff_eq; rewrite !Z.leb_le; lia|].
  assert (ceil_div (m_offset f) cs = m_offset f / cs + 1) as ->; [|f_equal; lia]. unfold ceil_div. pose proof (Z.div_mod (m_offset f) cs ltac:(lia)). pose proof (Z.mod_pos_bound (m_offset f) cs Hcs).
  symmetry. apply (Z.div_unique _ _ _ (m_offset f mod cs - 1)); lia.
Qed.

(** The chunk holds bytes of the file. *)
Definition touches (cs : Z) (f : File) (i : Z) : bool := (m_offset f <? (i + 1) * cs) && (i * cs <? m_offset f + m_size f).
(** The chunk ends where the file begins, and holds nothing of it. *)
Definition ends_before (cs : Z) (f : File) (i : Z) : bool := m_offset f =? (i + 1) * cs.

Lemma ceil_div_le x cs i : 0 < cs -> ceil_div x cs <= i <-> x <= i * cs.
Proof.
  intros Hcs. unfold ceil_div. split; intros Hi.
  - pose proof (Z.div_mod (x + cs - 1) cs ltac:(lia)). pose proof (Z.mod_pos_bound (x + cs - 1) cs Hcs). nia.
  - apply Z.lt_succ_r, Z.div_lt_upper_bound; [done|]. nia.
Qed.

Lemma counts_chunk_bytes cs fs i f x : 0 < cs -> placed cs 0 fs -> fs !! i = Some f -> 0 < m_size f -> counts_chunk cs f x = touches cs f x || ends_before cs f x.
Proof.
  intros Hcs Hp Hf Hs. destruct (placed_own cs fs i f Hcs Hp Hf) as (Ho & Er & _). unfold counts_chunk, count_from, touches, ends_before, range_second. rewrite Er.
  unfold range_of. rewrite (proj2 (Z.eqb_neq _ 0)) by lia. cbn [snd]. pose proof (ceil_div_le (m_offset f) cs (x + 1) Hcs) as H1. pose proof (ceil_div_le (m_offset f + m_size f) cs x Hcs) as H2.
  apply eq_true_iff_eq. rewrite orb_true_iff, !andb_true_iff, !Z.leb_le, !Z.ltb_lt, Z.eqb_eq. nia.
Qed.

Lemma chunk_inside l index : counted l -> 0 <= index < size_chunks l -> 0 < chunk_bytes l index <= m_chunk_size l /\ index * m_chunk_size l + chunk_bytes l index <= m_torrent_size l.
Proof.
  intros Hl Hi. pose proof (proj1 (last_chunk_bytes l Hl)) as Hlast. pose proof Hl as [(Ht & Hc & _) Hs Hch _]. destruct (ceil_bounds _ _ (proj1 Hc) Hs) as [_ Hb]. rewrite <- Hch in Hb.
  destruct (decide (index = size_chunks l - 1)) as [->|Hne].
  - split; [done|]. unfold chunk_bytes. replace (size_chunks l - 1 + 1) with (size_chunks l) by lia. rewrite Z.eqb_refl. lia.
  - unfold chunk_bytes. rewrite (proj2 (Z.eqb_neq _ _)) by lia. split; [lia|]. nia.
Qed.

Lemma file_done_exact l w fs i f : list_ok l w fs -> fs !! i = Some f -> 0 < m_size f ->
  m_offset f = 0 \/ m_offset f mod m_chunk_size l <> 0 \/ Bitfield.is_all_set (bitfield l) = true -> file_done l f = Z.of_nat (count (fun x => bit_of l x && in_file f x) (all_chunks l)).
Proof.
  intros (Hly & Hc & _) Hf Hs Hoff. pose proof Hly as [_ _ L3 _ (_ & Hcs & _) _]. pose proof Hc as [_ _ _ Hr]. pose proof (Bitfield.ready_size _ _ Hr) as Hsz. unfold file_done.
  pose proof (proj1 (Forall_lookup _ _) (placed_inside l w fs Hly) i f Hf) as Hin. cbn beta in Hin. destruct (Bitfield.is_all_set (bitfield l)) eqn:Eall.
  - assert (count (fun x => bit_of l x && in_file f x) (all_chunks l) = count (fun x => (range_first f <=? x) && (x <? range_second f)) (zrange 0 (Z.to_nat (size_chunks l)))) as ->.
    { apply count_ext, Forall_forall. intros x Hx%elem_of_zrange. unfold bit_of. by rewrite (proj1 (Bitfield.is_all_set_iff _ _ Hr) Eall x) by lia. }
    rewrite count_interval. lia.
  - unfold done_of. f_equal. apply count_ext, Forall_forall. intros x Hx%elem_of_zrange. f_equal. apply (counts_chunk_exact _ fs i); [lia|done|done| |lia]. destruct Hoff as [?|[?|?]]; [by left|by right|done].
Qed.

Lemma ranges_inside_lt n fs x : ranges_inside n fs -> Exists (fun f => high_chunk f x) fs \/ Exists (fun f => normal_chunk f x) fs -> x < n.
Proof.
  intros Hin. assert (H : forall f, f ∈ fs -> in_range f x -> x < n).
  { intros f Hf [_ Hx]. pose proof (proj1 (Forall_forall _ _) Hin f Hf) as Hf'. cbn beta in Hf'. lia. }
  rewrite !Exists_exists. intros [(f & Hf & Hx)|(f & Hf & Hx)]; apply (H f Hf); unfold high_chunk, normal_chunk in Hx; destruct (m_priority f); tauto.
Qed.

(** ** Theorems *)

(** C16: However a new file list is split and merged, as long as the sizes of a
    split add up and the files of a merge are there, every step returns and the
    files tile the torrent: they follow each other without a gap from 0 to its
    size, and the range of chunks of each one is the one its bytes touch. *)
Theorem arranged_list_tiles torrentSize chunkSize steps w : sizes_ok torrentSize chunkSize -> all_arranged steps [torrentSize] ->
  exists l w' fs, arranged torrentSize chunkSize steps w = Ok (l, w') /\ layout l w' fs /\ m_size <$> fs = final_sizes steps [torrentSize] /\
    m_torrent_size l = torrentSize /\ m_chunk_size l = chunkSize.
Proof.
  intros Hs Ha. unfold arranged. destruct (initialize_ok new_list w torrentSize chunkSize) as (l & w1 & f & -> & Hly & Hf & Ho & _ & Et & Ec & Hcl); [done|done|done|]. cbn [mbind res_bind].
  destruct (arrange_all_ok steps l w1 [f] Hly) as (l2 & w2 & fs & -> & Hly2 & _ & Es & Et2 & Ec2); [|by cbn; rewrite Hf|].
  - split; [done|]. by constructor; [|constructor].
  - exists l2, w2, fs. cbn [fmap list_fmap] in Es. rewrite Hf in Es. split_and!; [done|done|done|congruence|congruence].
Qed.

(** C17: Mapping a chunk of the torrent always returns.  When it answers with a
    chunk, its parts follow each other from 0 to the size of the chunk, and each
    part is the stretch of a file, inside that file, that belongs at its place;
    it answers without one only if something of the storage did not work.  No
    file moves, and the file manager stays within its limit. *)
Theorem chunk_parts_cover env index prot l w fs : opens_valid (fs_files env) -> sane_pages env -> fm_ok w -> layout l w fs -> counted l -> 0 < prot < 4 -> 0 <= index < size_chunks l ->
  exists r w', create_chunk_index env index prot l w = Ok (r, w') /\ fm_ok w' /\ places_kept w w' /\
    match r with
    | Some parts => covers (part_of (zip (fl l) fs) (index * m_chunk_size l)) 0 (chunk_bytes l index) parts
    | None => ~ disk_works env (m_torrent_size l)
    end.
Proof.
  intros Henv Hpg Hw Hly Hc Hprot Hi. unfold create_chunk_index. rewrite (chunk_index_size_ok l index Hc Hi). cbn [mbind res_bind]. destruct (chunk_inside l index Hc Hi) as [Hb Hend].
  pose proof Hc as [(Ht & Hcs & _) Hs Hch Hr]. rewrite u64_small by nia. apply create_chunk_ok; [done|done|done|done|done|nia|lia|lia].
Qed.

(** Recounting after a hash check returns, leaves the files where they are
    and counts the chunks that are still wanted: those with a priority that are
    not done.  A file that is not empty counts the chunks done from the one that
    holds the byte before it on, so the count is the number of its own chunks
    that are done unless the file starts at a chunk of its own; when the torrent
    is complete it is exact for every file. *)
Theorem files_recounted l w fs : list_ok l w fs ->
  exists l' w' fs', update_completed l w = Ok (l', w') /\ layout l' w' fs' /\ m_wanted_chunks (m_data l') = wanted_of (size_chunks l) (m_data l) /\
    forall i f, fs !! i = Some f -> 0 < m_size f -> exists f', fs' !! i = Some f' /\ m_completed f' = file_done l f /\
      (m_offset f = 0 \/ m_offset f mod m_chunk_size l <> 0 \/ Bitfield.is_all_set (bitfield l) = true ->
       m_completed f' = Z.of_nat (count (fun x => bit_of l x && in_file f x) (all_chunks l))).
Proof.
  intros Hok. pose proof Hok as (Hly & Hc & Hd). destruct (update_completed_ok l w fs Hok) as (w' & c & -> & Hl & Hcnt). eexists _, w', _. split; [reflexivity|].
  split_and!; [apply layout_data; [by eapply layout_counts|done]|done|]. intros i f Hf Hs. exists (set_completed_protected (c i) f). rewrite with_counts_lookup, Hf. split_and!; [done|by apply Hcnt|].
  intros Hoff. cbn [set_completed_protected m_completed]. rewrite (Hcnt i f Hf Hs). by apply (file_done_exact l w fs i).
Qed.

(** C22: Marking a chunk that was not done returns; the chunk is done and no
    other, the number of wanted chunks goes down exactly when the chunk was
    wanted and so stays the number of chunks that are wanted.  Each file that is
    not empty counts one more when the chunk holds bytes of it, and nothing
    otherwise, but for one case in which the code counts too much: a file that
    begins where the chunk ends counts it as well. *)
Theorem mark_completed_counts l w fs index : list_ok l w fs -> 0 <= index < size_chunks l -> bit_of l index = false -> m_wanted_chunks (m_data l) = wanted_of (size_chunks l) (m_data l) ->
  exists l' w' fs', mark_completed index l w = Ok (l', w') /\ list_ok l' w' fs' /\ m_wanted_chunks (m_data l') = wanted_of (size_chunks l') (m_data l') /\
    (forall i, 0 <= i < size_chunks l -> bit_of l' i = (index =? i) || bit_of l i) /\
    (forall i f, fs !! i = Some f -> 0 < m_size f -> exists f', fs' !! i = Some f' /\
      m_completed f' = if touches (m_chunk_size l) f index || ends_before (m_chunk_size l) f index then u32 (m_completed f + 1) else m_completed f).
Proof.
  intros Hok Hi Hb Hw. destruct (mark_completed_ok l w fs index Hok Hi Hb Hw) as (l' & w' & c & E & Hl & Hok' & Esz & Hw' & Hbits & Hcnt).
  exists l', w', (with_counts c fs).
  split_and!; [done|done|by rewrite Esz|done|]. intros i f Hf Hs. exists (set_completed_protected (c i) f). rewrite with_counts_lookup, Hf. split; [done|].
  destruct (proj1 Hok) as [_ _ L3 _ (_ & Hcs & _) _]. rewrite <- (counts_chunk_bytes _ fs i) by (done || lia). by apply Hcnt.
Qed.

(** The bytes that are done are those of the chunks that are done and the
    bytes that are left those of the others, the last chunk being as large as
    what the torrent leaves for it; neither call throws. *)
Theorem bytes_add_up l : counted l ->
  completed_bytes l = Ok (bytes_where (bit_of l) l (all_chunks l)) /\ left_bytes l = Ok (bytes_where (fun i => negb (bit_of l i)) l (all_chunks l)) /\
  bytes_where (bit_of l) l (all_chunks l) + bytes_where (fun i => negb (bit_of l i)) l (all_chunks l) = m_torrent_size l.
Proof. intros Hl. split_and!; [by apply completed_bytes_ok|by apply left_bytes_ok|by apply bytes_split]. Qed.

(** A piece is valid exactly when its chunk exists, it is not empty and it
    ends inside the chunk, whatever 32-bit numbers a peer sends. *)
Theorem piece_inside_chunk l p : counted l -> 0 <= Piece.m_index p < 2 ^ 32 -> 0 <= Piece.m_offset p < 2 ^ 32 -> 0 <= Piece.m_length p < 2 ^ 32 ->
  exists b, is_valid_piece p l = Ok b /\
    (b = true <-> Piece.m_index p < size_chunks l /\ 0 < Piece.m_length p /\ Piece.m_offset p + Piece.m_length p <= chunk_bytes l (Piece.m_index p)).
Proof. apply is_valid_piece_ok. Qed.

(** Applying the priorities of the files returns.  A chunk has high priority
    exactly when a file of high priority has it, or a file of normal priority of
    which it is the first or last chunk and which asks for that; it has normal
    priority exactly when a file of normal priority has it otherwise; and the
    number of wanted chunks is that of the chunks with a priority that are not
    done. *)
Theorem priorities_applied l w fs : layout l w fs -> counted l ->
  exists l', update_priorities l w = Ok l' /\ layout l' w fs /\ data_ok (size_chunks l) (m_data l') /\
    (forall x, Ranges.has x (m_high_priority (m_data l')) = true <-> Exists (fun f => high_chunk f x) fs) /\
    (forall x, Ranges.has x (m_normal_priority (m_data l')) = true <-> Exists (fun f => normal_chunk f x) fs) /\
    m_wanted_chunks (m_data l') = wanted_of (size_chunks l) (m_data l').
Proof.
  intros Hly Hc. pose proof Hly as [L1 _ _ _ _ _]. pose proof Hc as [_ _ _ Hr]. pose proof (Bitfield.ready_size _ _ Hr) as Hsz. pose proof (placed_inside l w fs Hly) as Hin. unfold update_priorities.
  destruct (priority_loop_ok (size_chunks l) (fl l) ltac:(lia) fs [] [] w L1 Hin I I) as (high & normal & -> & C1 & C2 & M1 & M2). cbn [mbind res_bind].
  set (d := set_priorities high normal (m_data l)). assert (Hd : data_ok (size_chunks l) d).
  { constructor; [done|done|done|]. intros x. cbn [d set_priorities m_high_priority m_normal_priority]. rewrite M1, M2. cbn [Ranges.mem]. intros Hx.
    apply (ranges_inside_lt (size_chunks l) fs x Hin). tauto. }
  unfold update_wanted_chunks. rewrite (calc_wanted_ok _ _ Hd). cbn [mbind res_bind]. eexists. split; [reflexivity|]. split_and!; [by apply layout_data| | | |done].
  - by destruct Hd; constructor.
  - intros x. cbn. rewrite (Ranges.has_spec x _ (-1) C1), M1. cbn [Ranges.mem]. tauto.
  - intros x. cbn. rewrite (Ranges.has_spec x _ (-1) C2), M2. cbn [Ranges.mem]. tauto.
Qed.

(** C18: Opening a file list always returns, also when the size of the torrent is
    only learned from the file on disk.  Either the list is open with its root
    directory frozen, or, after a storage error, none of its files is open or
    active; the file manager stays within its limit. *)
Theorem open_all_or_nothing env flags l w : opens_valid (fs_files env) -> sane_stat env -> fm_ok w -> there w (fl l) -> m_root_dir l <> [] -> fl l <> [] -> Bitfield.shape (bitfield l) ->
  exists failed l' w', open env flags l w = Ok (failed, l', w') /\ fm_ok w' /\ opened_or_shut l failed l' w'.
Proof.
  intros Henv Hstat Hw Ht Hroot Hne Hshape. destruct (list_open_ok env flags l w Henv Hstat Hw Ht Hroot Hne Hshape) as (failed & l' & w' & E & Hw' & _ & H). by exists failed, l', w'.
Qed.

(** ** Witnesses and examples *)

(** Twenty bytes in chunks of eight: two files share the second chunk, between
    them is a directory without files. *)
Definition sample_steps : list arrangement :=
  [ASplit 0 [(8, [[97]], 0); (12, [[98]], 0)]; ASplit 1 [(3, [[99]; [100]], 0); (2, [[99]; [101]], 0); (0, [[102]; []], 0); (7, [[103]], flag_prioritize_last)]; AMerge 1 3 [[98]]].

Lemma arranged_list_tiles_witness : exists l w' fs, arranged 20 8 sample_steps (new_world 16) = Ok (l, w') /\ layout l w' fs /\ m_size <$> fs = [8; 5; 0; 7].
Proof.
  destruct (arranged_list_tiles 20 8 sample_steps (new_world 16)) as (l & w' & fs & E & Hly & Es & _); [vm_compute; repeat split; discriminate| |exists l, w', fs; split_and!; [exact E|exact Hly|rewrite Es; reflexivity]].
  cbn [all_arranged sample_steps allowed sizes_after]. split_and!; try done; try (vm_compute; lia); repeat constructor; vm_compute; discriminate.
Defined.

(** The system with files that are large enough *)
Definition disk_env : fs_env := FsEnv (Env 5 0 (fun _ _ => Some 3) (fun _ => 20) (fun _ _ => true) (fun _ _ => true)) (fun _ => true) (fun _ => false) (fun _ => Some (true, 20)) (fun _ => None)
  (fun _ _ _ _ => true) (fun _ _ => true) 4096.

(** The sample with a bitfield: [bits] is its only byte. *)
Definition sample_state (bits set : Z) : file_list * world :=
  match arranged 20 8 sample_steps (new_world 16) with
  | Ok (l, w) => (set_data (set_bitfield (Bitfield.mkBitfield 3 set (Some [bits])) (m_data l)) l, w)
  | _ => (new_list, new_world 16)
  end.
Definition files_of (s : file_list * world) : list File := (fun id => default new_file (w_files (snd s) !! id)) <$> fl (fst s).

Lemma sample_layout : layout (fst (sample_state 128 1)) (snd (sample_state 128 1)) (files_of (sample_state 128 1)).
Proof.
  constructor.
  - vm_compute. repeat constructor.
  - apply (bool_decide_unpack _). vm_compute. exact I.
  - vm_compute. repeat split; discriminate.
  - reflexivity.
  - vm_compute. repeat split; discriminate.
  - reflexivity.
Qed.

Lemma sample_counted : counted (fst (sample_state 128 1)).
Proof. constructor; [vm_compute; repeat split; discriminate|reflexivity|reflexivity|]. apply Bitfield.ready_check_ready. reflexivity. Qed.

Lemma sample_list_ok : list_ok (fst (sample_state 128 1)) (snd (sample_state 128 1)) (files_of (sample_state 128 1)).
Proof.
  split_and!; [apply sample_layout|apply sample_counted|]. constructor; [apply Bitfield.ready_check_ready; reflexivity|exact I|vm_compute; repeat split|].
  intros x. change (Ranges.mem x [] \/ Ranges.mem x [(0, 3)] -> x < 3). cbn. lia.
Qed.

Lemma sample_fm : fm_ok (snd (sample_state 128 1)).
Proof.
  constructor; [|vm_compute; discriminate|vm_compute; split; discriminate]. constructor; [constructor| | |constructor|constructor].
  - intros id. split; [by intros ?%elem_of_nil|]. intros (f & Hf & Ho & _). exfalso. apply elem_of_map_to_list in Hf.
    assert (Hall : Forall (fun p => is_open p.2 = false) (map_to_list (w_files (snd (sample_state 128 1))))) by (vm_compute; repeat constructor).
    rewrite Forall_forall in Hall. specialize (Hall (id, f) Hf). cbn in Hall. congruence.
  - intros id f Hf Ho. exfalso. apply elem_of_map_to_list in Hf.
    assert (Hall : Forall (fun p => is_open p.2 = false) (map_to_list (w_files (snd (sample_state 128 1))))) by (vm_compute; repeat constructor).
    rewrite Forall_forall in Hall. specialize (Hall (id, f) Hf). cbn in Hall. congruence.
Qed.

Lemma disk_opens : opens_valid (fs_files disk_env).
Proof. intros path flags fd [= <-]. done. Qed.

Lemma disk_env_works : disk_works disk_env 20.
Proof. split_and!; [split_and!; [by eexists|done|done]|done|done|done]. Qed.

(** The second chunk is the end of one file and the start of another. *)
Lemma chunk_parts_cover_witness : exists parts w', create_chunk_index disk_env 1 3 (fst (sample_state 128 1)) (snd (sample_state 128 1)) = Ok (Some parts, w') /\ length parts = 2%nat /\
  covers (part_of (zip (fl (fst (sample_state 128 1))) (files_of (sample_state 128 1))) 8) 0 8 parts.
Proof.
  destruct (chunk_parts_cover disk_env 1 3 (fst (sample_state 128 1)) (snd (sample_state 128 1)) (files_of (sample_state 128 1)) disk_opens ltac:(vm_compute; split; [discriminate|reflexivity]) sample_fm sample_layout sample_counted)
    as (r & w' & E & _ & _ & Hr); [lia|vm_compute; split; [discriminate|reflexivity]|].
  assert (Hr' : exists parts, r = Some parts /\ length parts = 2%nat).
  { assert (Hv : match create_chunk_index disk_env 1 3 (fst (sample_state 128 1)) (snd (sample_state 128 1)) with Ok (Some parts, _) => length parts = 2%nat | _ => False end) by (vm_compute; reflexivity).
    rewrite E in Hv. destruct r as [parts|]; [|contradiction]. exists parts. split; [reflexivity|exact Hv]. }
  destruct Hr' as (parts & -> & Hlen). exists parts, w'. split; [exact E|]. split; [exact Hlen|exact Hr].
Defined.

Lemma files_recounted_witness : exists l' w' fs', update_completed (fst (sample_state 128 1)) (snd (sample_state 128 1)) = Ok (l', w') /\ layout l' w' fs' /\ m_wanted_chunks (m_data l') = 2.
Proof.
  destruct (files_recounted (fst (sample_state 128 1)) (snd (sample_state 128 1)) (files_of (sample_state 128 1)) sample_list_ok) as (l' & w' & fs' & E & Hly & Hw & _).
  exists l', w', fs'. split; [exact E|]. split; [exact Hly|]. rewrite Hw. vm_compute. reflexivity.
Defined.

Lemma list_ok_wanting l w fs v : list_ok l w fs -> list_ok (set_data (set_wanted_chunks v (m_data l)) l) w fs.
Proof.
  intros (Hly & [A B C D] & [E F G H]). split_and!; [by apply (layout_data l w _ _ Hly)|by constructor|by constructor].
Qed.

Definition sample_wanting : file_list := set_data (set_wanted_chunks 2 (m_data (fst (sample_state 128 1)))) (fst (sample_state 128 1)).

Lemma mark_completed_counts_witness : exists l' w', mark_completed 2 sample_wanting (snd (sample_state 128 1)) = Ok (l', w') /\ m_wanted_chunks (m_data l') = wanted_of (size_chunks l') (m_data l') /\
  bit_of l' 1 = false /\ bit_of l' 2 = true.
Proof.
  destruct (mark_completed_counts sample_wanting (snd (sample_state 128 1)) (files_of (sample_state 128 1)) 2 (list_ok_wanting _ _ _ 2 sample_list_ok)) as (l' & w' & fs' & E & _ & Hw & Hb & _);
    [vm_compute; split; [discriminate|reflexivity]|vm_compute; reflexivity|vm_compute; reflexivity|].
  exists l', w'. split; [exact E|]. split; [exact Hw|]. split; (rewrite Hb; [vm_compute; reflexivity|vm_compute; split; [discriminate|reflexivity]]).
Defined.

Lemma bytes_add_up_witness : completed_bytes (fst (sample_state 160 2)) = Ok 12 /\ left_bytes (fst (sample_state 160 2)) = Ok 8.
Proof.
  destruct (bytes_add_up (fst (sample_state 160 2))) as (E1 & E2 & _); [constructor; [vm_compute; repeat split; discriminate|reflexivity|reflexivity|apply Bitfield.ready_check_ready; reflexivity]|].
  rewrite E1, E2. vm_compute. split; reflexivity.
Defined.

(** An offset and a length that wrap around are not a piece. *)
Lemma piece_inside_chunk_witness : is_valid_piece (Piece.mkPiece 2 1 3) (fst (sample_state 128 1)) = Ok true /\ is_valid_piece (Piece.mkPiece 2 (2 ^ 32 - 2) 4) (fst (sample_state 128 1)) = Ok false.
Proof.
  destruct (piece_inside_chunk (fst (sample_state 128 1)) (Piece.mkPiece 2 1 3) sample_counted) as (b & E & Hb); [cbn; lia|cbn; lia|cbn; lia|].
  destruct (piece_inside_chunk (fst (sample_state 128 1)) (Piece.mkPiece 2 (2 ^ 32 - 2) 4) sample_counted) as (c & E' & Hc); [cbn; lia|cbn; lia|cbn; lia|].
  rewrite E, E'. split; f_equal; [apply Hb; vm_compute; repeat split; (reflexivity || discriminate)|]. destruct c; [|reflexivity]. destruct (proj1 Hc eq_refl) as (_ & _ & Hle). vm_compute in Hle. exfalso. by apply Hle.
Defined.

(** The last file asks for its last chunk first. *)
Lemma priorities_applied_witness : exists l', update_priorities (fst (sample_state 128 1)) (snd (sample_state 128 1)) = Ok l' /\ m_high_priority (m_data l') = [(2, 3)] /\ m_normal_priority (m_data l') = [(0, 2)] /\
  data_ok 3 (m_data l').
Proof.
  destruct (priorities_applied (fst (sample_state 128 1)) (snd (sample_state 128 1)) (files_of (sample_state 128 1)) sample_layout sample_counted) as (l' & E & _ & Hd & _). exists l'.
  assert (Hv : match update_priorities (fst (sample_state 128 1)) (snd (sample_state 128 1)) with Ok l => m_high_priority (m_data l) = [(2, 3)] /\ m_normal_priority (m_data l) = [(0, 2)] | _ => False end)
    by (vm_compute; split; reflexivity).
  rewrite E in Hv. destruct Hv as [H1 H2]. split; [exact E|]. split; [exact H1|]. split; [exact H2|]. exact Hd.
Defined.

Lemma open_all_or_nothing_witness : exists failed l' w', open disk_env open_no_create (fst (sample_state 128 1)) (snd (sample_state 128 1)) = Ok (failed, l', w') /\
  opened_or_shut (fst (sample_state 128 1)) failed l' w'.
Proof.
  destruct (open_all_or_nothing disk_env open_no_create (fst (sample_state 128 1)) (snd (sample_state 128 1)) disk_opens) as (failed & l' & w' & E & _ & H).
  - intros path regular size [= _ <-]. lia.
  - apply sample_fm.
  - intros id Hid. destruct sample_layout as [Hl _ _ _ _ _]. exact (loaded_exists _ _ _ id Hl Hid).
  - vm_compute. discriminate.
  - vm_compute. discriminate.
  - exact (proj1 (proj1 (ct_ready _ sample_counted))).
  - exists failed, l', w'. split; [exact E|exact H].
Defined.

(** The sample opens. *)
Example sample_opens : match open disk_env open_no_create (fst (sample_state 128 1)) (snd (sample_state 128 1)) with
  | Ok (failed, l, _) => failed = false /\ m_frozen_root_dir l = [46] | _ => False end.
Proof. vm_compute. split; reflexivity. Qed.

(** Only the first chunk is done, yet the second file, which starts at the
    second chunk, counts one chunk as done; the first file is right. *)
Example aligned_file_overcounts : match update_completed (fst (sample_state 128 1)) (snd (sample_state 128 1)) with
  | Ok (l, w) => m_completed <$> files_of (l, w) = [1; 1; 0; 0] /\ range_first <$> files_of (l, w) = [0; 1; 1; 1] | _ => False end.
Proof. vm_compute. split; reflexivity. Qed.

(** With the first two chunks done it has more chunks done than it has. *)
Example more_done_than_there : match update_completed (fst (sample_state 192 2)) (snd (sample_state 192 2)) with
  | Ok (l, w) => m_completed <$> files_of (l, w) = [1; 2; 1; 1] /\ File.size_chunks <$> files_of (l, w) = [1; 1; 0; 2] | _ => False end.
Proof. vm_compute. split; reflexivity. Qed.

(** Two directories without files are taken for one file name. *)
Example two_directories_refused : match arranged 20 8 [ASplit 0 [(20, [[97]], 0); (0, [[98]; []], 0); (0, [[99]; []], 0)]] (new_world 16) with
  | Ok (l, w) => match open disk_env open_no_create l w with Ok (failed, _, _) => failed = true | _ => False end | _ => False end.
Proof. vm_compute. reflexivity. Qed.

(** The position of a chunk beyond four gibibytes is cut off. *)
Example position_wraps : chunk_index_position 1024 (set_sizes (2 ^ 33) (2 ^ 22) new_list) = 0.
Proof. reflexivity. Qed.
End FileList.
