(* ===== verification/Encryption.v ===== *)
(** * Encrypted connections (src/protocol/encryption_policy.h, encryption_info.h, handshake_encryption.h, src/utils/diffie_hellman.cc)

    The policy a connection follows, the two key streams of a connection, and
    the key exchange of the obfuscated handshake.  RC4, SHA-1 and the
    arithmetic of the key exchange are OpenSSL's: [Crypto] has the functions
    the code calls, [CryptoLaws] what it relies on. *)

From S2P Require Import Prelude.

Module EncryptionPolicy.

Inductive encryption_mode :=
  | ENCRYPTION_MODE_DENY
  | ENCRYPTION_MODE_ALLOW
  | ENCRYPTION_MODE_PREFER
  | ENCRYPTION_MODE_REQUIRE.

#[global] Instance encryption_mode_eq_dec : EqDecision encryption_mode.
Proof. solve_decision. Defined.

Record EncryptionPolicy := mkPolicy {
  m_retrying : bool;
  m_handshake_mode : encryption_mode;
  m_stream_mode : encryption_mode;
  m_retry_mode : encryption_mode
}.

Definition validate_modes (p : EncryptionPolicy) : res unit :=
  throw_when (bool_decide (m_handshake_mode p = ENCRYPTION_MODE_DENY) &&
              bool_decide (m_stream_mode p = ENCRYPTION_MODE_REQUIRE)) internal_error.

(** The constructor from two modes. *)
Definition new_policy (handshake_mode stream_mode : encryption_mode) : res EncryptionPolicy :=
  let p := mkPolicy false handshake_mode stream_mode ENCRYPTION_MODE_ALLOW in
  _ ← validate_modes p; Ok p.

Definition set_retrying (p : EncryptionPolicy) : EncryptionPolicy :=
  mkPolicy true (m_handshake_mode p) (m_stream_mode p) (m_retry_mode p).
Definition with_retry (p : EncryptionPolicy) (m : encryption_mode) : EncryptionPolicy :=
  mkPolicy (m_retrying p) (m_handshake_mode p) (m_stream_mode p) m.
Definition set_retry_disabled (p : EncryptionPolicy) : EncryptionPolicy := with_retry p ENCRYPTION_MODE_PREFER.
Definition set_retry_plaintext (p : EncryptionPolicy) : EncryptionPolicy := with_retry p ENCRYPTION_MODE_DENY.
Definition set_retry_encrypted (p : EncryptionPolicy) : EncryptionPolicy := with_retry p ENCRYPTION_MODE_REQUIRE.

Definition is_mode (m k : encryption_mode) : bool := bool_decide (m = k).

Definition allow_plaintext_handshake (p : EncryptionPolicy) : bool :=
  negb (is_mode (m_handshake_mode p) ENCRYPTION_MODE_REQUIRE).
Definition allow_encrypted_handshake (p : EncryptionPolicy) : bool :=
  negb (is_mode (m_handshake_mode p) ENCRYPTION_MODE_DENY).
Definition prefer_encrypted_handshake (p : EncryptionPolicy) : bool :=
  is_mode (m_handshake_mode p) ENCRYPTION_MODE_PREFER || is_mode (m_handshake_mode p) ENCRYPTION_MODE_REQUIRE.
Definition require_encrypted_handshake (p : EncryptionPolicy) : bool :=
  is_mode (m_handshake_mode p) ENCRYPTION_MODE_REQUIRE.

Definition allow_plaintext_stream (p : EncryptionPolicy) : bool :=
  negb (is_mode (m_stream_mode p) ENCRYPTION_MODE_REQUIRE).
Definition allow_encrypted_stream (p : EncryptionPolicy) : bool :=
  negb (is_mode (m_stream_mode p) ENCRYPTION_MODE_DENY).
Definition prefer_encrypted_stream (p : EncryptionPolicy) : bool :=
  is_mode (m_stream_mode p) ENCRYPTION_MODE_PREFER || is_mode (m_stream_mode p) ENCRYPTION_MODE_REQUIRE.
Definition require_plaintext_stream (p : EncryptionPolicy) : bool :=
  is_mode (m_stream_mode p) ENCRYPTION_MODE_DENY.
Definition require_encrypted_stream (p : EncryptionPolicy) : bool :=
  is_mode (m_stream_mode p) ENCRYPTION_MODE_REQUIRE.

Definition retry_plaintext_handshake (p : EncryptionPolicy) : bool :=
  is_mode (m_retry_mode p) ENCRYPTION_MODE_DENY.
Definition retry_encrypted_handshake (p : EncryptionPolicy) : bool :=
  is_mode (m_retry_mode p) ENCRYPTION_MODE_REQUIRE.

(** The policies the two constructors give. *)
Definition valid (p : EncryptionPolicy) : Prop :=
  ~ (m_handshake_mode p = ENCRYPTION_MODE_DENY /\ m_stream_mode p = ENCRYPTION_MODE_REQUIRE).

Lemma new_policy_valid h s p : new_policy h s = Ok p -> valid p.
Proof.
  unfold new_policy, validate_modes, valid. intros H. res_inv. cbn [m_handshake_mode m_stream_mode] in *.
  intros [-> ->]. done.
Qed.

(** A valid policy allows some kind of stream. *)
Lemma some_stream_allowed p : allow_plaintext_stream p = false -> allow_encrypted_stream p = true.
Proof.
  unfold allow_plaintext_stream, allow_encrypted_stream, is_mode. by destruct (m_stream_mode p).
Qed.

End EncryptionPolicy.

(** ** What OpenSSL provides *)

Class Crypto := {
  rc4_key : Type;
  RC4_set_key : list Z -> rc4_key;
  (** The key after the bytes, and the bytes combined with the key stream. *)
  RC4_crypt : rc4_key -> list Z -> rc4_key * list Z;
  SHA1 : list Z -> list Z;
  DH : Type;
  (** [BN_bn2bin] of the public key. *)
  DH_get0_pub_key : DH -> option (list Z);
  DH_size : DH -> Z;
  (** [DH_compute_key] with a number given by its bytes; [None] is -1. *)
  DH_compute_key : DH -> list Z -> option (list Z)
}.

Definition bytes_ok (s : list Z) : Prop := Forall is_u8 s.

Class CryptoLaws `{Crypto} := {
  (** The key stream does not depend on the data. *)
  RC4_same_stream : forall k s t, length s = length t -> fst (RC4_crypt k s) = fst (RC4_crypt k t);
  RC4_nil : forall k, RC4_crypt k [] = (k, []);
  RC4_length : forall k s, length (snd (RC4_crypt k s)) = length s;
  RC4_bytes : forall k s, bytes_ok s -> bytes_ok (snd (RC4_crypt k s));
  RC4_involutive : forall k s, bytes_ok s -> snd (RC4_crypt k (snd (RC4_crypt k s))) = s;
  RC4_app : forall k s t, RC4_crypt k (s ++ t) =
    (fst (RC4_crypt (fst (RC4_crypt k s)) t), snd (RC4_crypt k s) ++ snd (RC4_crypt (fst (RC4_crypt k s)) t));
  SHA1_length : forall s, length (SHA1 s) = 20%nat;
  SHA1_bytes : forall s, bytes_ok (SHA1 s);
  (** The prime of the handshake has 96 bytes. *)
  DH_size_prime : forall d, DH_size d = 96;
  DH_pub_key_size : forall d p, DH_get0_pub_key d = Some p -> zlen p <= 96 /\ bytes_ok p;
  DH_compute_key_size : forall d p k, DH_compute_key d p = Some k -> zlen k <= 96 /\ bytes_ok k;
  (** Leading zeros do not change a number. *)
  DH_leading_zeros : forall d n p, DH_compute_key d (replicate n 0 ++ p) = DH_compute_key d p;
  DH_agrees : forall a b pa pb k, DH_get0_pub_key a = Some pa -> DH_get0_pub_key b = Some pb ->
    DH_compute_key a pb = Some k -> DH_compute_key b pa = Some k
}.

Module DiffieHellman.

Section DiffieHellman.
Context `{Crypto}.

(** [m_secret] is null before a secret is computed. *)
Record DiffieHellman := mkDiffieHellman {
  m_dh : DH;
  m_secret : option (list Z);
  m_size : Z
}.

(** [generated] is what [DH_generate_key] made, or nothing when the parameters
    could not be set. *)
Definition new_diffie_hellman (generated : option DH) : res DiffieHellman :=
  match generated with
  | None => Throw internal_error
  | Some dh => Ok (mkDiffieHellman dh None 0)
  end.

Definition is_valid (d : DiffieHellman) : bool :=
  match DH_get0_pub_key (m_dh d) with Some _ => true | None => false end.

(** The secret is moved to the end of its buffer when it is short. *)
Definition compute_secret (d : DiffieHellman) (pubkey : list Z) : bool * DiffieHellman :=
  let secret_size := DH_size (m_dh d) in
  match DH_compute_key (m_dh d) pubkey with
  | None => (false, mkDiffieHellman (m_dh d) (Some (replicate (Z.to_nat secret_size) 0)) (m_size d))
  | Some k =>
      (true, mkDiffieHellman (m_dh d)
               (Some (replicate (Z.to_nat (secret_size - zlen k)) 0 ++ k)) secret_size)
  end.

(** The bytes written to [dest]. *)
Definition store_pub_key (d : DiffieHellman) (length : Z) : res (list Z) :=
  match DH_get0_pub_key (m_dh d) with
  | None => UB
  | Some p =>
      if zlen p <=? length then Ok (replicate (Z.to_nat (length - zlen p)) 0 ++ p)
      else Ok (replicate (Z.to_nat length) 0)
  end.

(** [n] bytes from [c_str()]. *)
Definition secret_bytes (d : DiffieHellman) (n : Z) : res (list Z) :=
  match m_secret d with
  | None => if n =? 0 then Ok [] else UB
  | Some s => _ ← ub_when (zlen s <? n); Ok (take (Z.to_nat n) s)
  end.

End DiffieHellman.

End DiffieHellman.

Module EncryptionInfo.

Section EncryptionInfo.
Context `{Crypto}.

(** The two [RC4] objects have no key until they are set. *)
Record EncryptionInfo := mkEncryptionInfo {
  m_encrypted : bool;
  m_obfuscated : bool;
  m_decryptValid : bool;
  m_encrypt : option rc4_key;
  m_decrypt : option rc4_key
}.

Definition new_info : EncryptionInfo := mkEncryptionInfo false false false None None.

Definition encrypt (i : EncryptionInfo) (data : list Z) : res (EncryptionInfo * list Z) :=
  k ← of_deref (m_encrypt i);
  let '(k, out) := RC4_crypt k data in
  Ok (mkEncryptionInfo (m_encrypted i) (m_obfuscated i) (m_decryptValid i) (Some k) (m_decrypt i), out).

Definition decrypt (i : EncryptionInfo) (data : list Z) : res (EncryptionInfo * list Z) :=
  k ← of_deref (m_decrypt i);
  let '(k, out) := RC4_crypt k data in
  Ok (mkEncryptionInfo (m_encrypted i) (m_obfuscated i) (m_decryptValid i) (m_encrypt i) (Some k), out).

Definition is_encrypted (i : EncryptionInfo) : bool := m_encrypted i.
Definition is_obfuscated (i : EncryptionInfo) : bool := m_obfuscated i.
Definition decrypt_valid (i : EncryptionInfo) : bool := m_decryptValid i.

Definition set_obfuscated (i : EncryptionInfo) : EncryptionInfo :=
  mkEncryptionInfo false true false (m_encrypt i) (m_decrypt i).
Definition set_encrypt (i : EncryptionInfo) (k : rc4_key) : EncryptionInfo :=
  mkEncryptionInfo true true (m_decryptValid i) (Some k) (m_decrypt i).
Definition set_decrypt (i : EncryptionInfo) (k : rc4_key) : EncryptionInfo :=
  mkEncryptionInfo (m_encrypted i) (m_obfuscated i) true (m_encrypt i) (Some k).

End EncryptionInfo.

End EncryptionInfo.

Module HandshakeEncryption.
Import EncryptionPolicy DiffieHellman EncryptionInfo.

Definition crypto_plaintext : Z := 1.
Definition crypto_encrypted : Z := 2.
Definition dh_prime_length : Z := 96.
Definition vc_length : Z := 8.
Definition vc_data : list Z := replicate 8 0.

(** The salts, as their characters. *)
Definition req1 : list Z := [114; 101; 113; 49].
Definition req2 : list Z := [114; 101; 113; 50].
Definition req3 : list Z := [114; 101; 113; 51].
Definition keyA : list Z := [107; 101; 121; 65].
Definition keyB : list Z := [107; 101; 121; 66].

Section HandshakeEncryption.
Context `{Crypto}.

Record HandshakeEncryption := mkEncryption {
  m_key : option DiffieHellman;
  m_info : EncryptionInfo;
  m_policy : EncryptionPolicy;
  m_crypto : Z;
  m_sync : list Z;
  m_lengthIA : Z
}.

Definition new_encryption (p : EncryptionPolicy) : HandshakeEncryption :=
  mkEncryption None new_info p 0 [] 0.

Definition with_key (e : HandshakeEncryption) (k : DiffieHellman) : HandshakeEncryption :=
  mkEncryption (Some k) (m_info e) (m_policy e) (m_crypto e) (m_sync e) (m_lengthIA e).
Definition with_info (e : HandshakeEncryption) (i : EncryptionInfo) : HandshakeEncryption :=
  mkEncryption (m_key e) i (m_policy e) (m_crypto e) (m_sync e) (m_lengthIA e).
Definition with_policy (e : HandshakeEncryption) (p : EncryptionPolicy) : HandshakeEncryption :=
  mkEncryption (m_key e) (m_info e) p (m_crypto e) (m_sync e) (m_lengthIA e).
Definition set_crypto (e : HandshakeEncryption) (val : Z) : HandshakeEncryption :=
  mkEncryption (m_key e) (m_info e) (m_policy e) val (m_sync e) (m_lengthIA e).
Definition set_sync (e : HandshakeEncryption) (s : list Z) : HandshakeEncryption :=
  mkEncryption (m_key e) (m_info e) (m_policy e) (m_crypto e) s (m_lengthIA e).
Definition set_length_ia (e : HandshakeEncryption) (len : Z) : HandshakeEncryption :=
  mkEncryption (m_key e) (m_info e) (m_policy e) (m_crypto e) (m_sync e) len.

Definition is_stream_encrypted (e : HandshakeEncryption) : bool := m_crypto e =? crypto_encrypted.
Definition is_stream_plaintext (e : HandshakeEncryption) : bool := m_crypto e =? crypto_plaintext.
Definition has_stream_encrypted (e : HandshakeEncryption) : bool :=
  negb (Z.land (m_crypto e) crypto_encrypted =? 0).
Definition has_stream_plaintext (e : HandshakeEncryption) : bool :=
  negb (Z.land (m_crypto e) crypto_plaintext =? 0).
Definition has_stream_both (e : HandshakeEncryption) : bool :=
  has_stream_plaintext e && has_stream_encrypted e.

Definition initialize (e : HandshakeEncryption) (generated : option DH) : res (bool * HandshakeEncryption) :=
  k ← new_diffie_hellman generated; Ok (is_valid k, with_key e k).

(** [sha1_salt] with one and with two keys. *)
Definition sha1_salt (salt key : list Z) : list Z := SHA1 (salt ++ key).
Definition sha1_salt2 (salt key1 key2 : list Z) : list Z := SHA1 (salt ++ key1 ++ key2).

(** The key stream of one direction, after its first 1024 bytes; what is in
    the discarded bytes does not matter. *)
Definition stream_key (e : HandshakeEncryption) (salt origHash : list Z) : res rc4_key :=
  k ← of_deref (m_key e);
  s ← secret_bytes k 96;
  Ok (fst (RC4_crypt (RC4_set_key (sha1_salt2 salt s (take 20 origHash))) (replicate 1024 0))).

Definition initialize_decrypt (e : HandshakeEncryption) (origHash : list Z) (incoming : bool)
    : res HandshakeEncryption :=
  k ← stream_key e (if incoming then keyA else keyB) origHash;
  Ok (with_info e (set_decrypt (m_info e) k)).

Definition initialize_encrypt (e : HandshakeEncryption) (origHash : list Z) (incoming : bool)
    : res HandshakeEncryption :=
  k ← stream_key e (if incoming then keyB else keyA) origHash;
  Ok (with_info e (set_encrypt (m_info e) k)).

(** [for (i = 0; i < 20; i++) src[i] ^= tmp[i];] *)
Definition xor_bytes (s t : list Z) : list Z := zip_with Z.lxor s t.

(** The hash of a salt and the whole secret. *)
Definition salted_secret (e : HandshakeEncryption) (salt : list Z) : res (list Z) :=
  k ← of_deref (m_key e);
  s ← secret_bytes k (m_size k);
  Ok (sha1_salt salt s).

Definition deobfuscate_hash (e : HandshakeEncryption) (src : list Z) : res (list Z) :=
  tmp ← salted_secret e req3; Ok (xor_bytes src tmp).

Definition hash_req1_to_sync (e : HandshakeEncryption) : res HandshakeEncryption :=
  h ← salted_secret e req1; Ok (set_sync e h).

Definition encrypt_vc_to_sync (e : HandshakeEncryption) (origHash : list Z) : res HandshakeEncryption :=
  k ← stream_key e keyB origHash;
  Ok (set_sync e (snd (RC4_crypt k vc_data))).

Definition compare_vc (buf : list Z) : bool := bool_decide (buf = vc_data).

(** ** Both sides derive the same keys *)

(** Reading the other side's public key, as [read_encryption_key] does. *)
Definition exchange (e : HandshakeEncryption) (pubkey : list Z) : option HandshakeEncryption :=
  d ← m_key e;
  let '(ok, d) := compute_secret d pubkey in
  if ok : bool then Some (with_key e d) else None.

(** Encrypting and decrypting piece by piece. *)
Fixpoint encrypt_all (i : EncryptionInfo) (ms : list (list Z)) : res (EncryptionInfo * list (list Z)) :=
  match ms with
  | [] => Ok (i, [])
  | m :: ms => '(i, c) ← encrypt i m; '(i, cs) ← encrypt_all i ms; Ok (i, c :: cs)
  end.

Fixpoint decrypt_all (i : EncryptionInfo) (cs : list (list Z)) : res (EncryptionInfo * list (list Z)) :=
  match cs with
  | [] => Ok (i, [])
  | c :: cs => '(i, m) ← decrypt i c; '(i, ms) ← decrypt_all i cs; Ok (i, m :: ms)
  end.

End HandshakeEncryption.

Section Laws.
Context `{CryptoLaws}.

(** The secret has 96 bytes. *)
Definition has_secret (e : HandshakeEncryption) (s : list Z) : Prop :=
  exists d, m_key e = Some d /\ DiffieHellman.m_secret d = Some s /\ m_size d = 96 /\ zlen s = 96.

Lemma padded_length n k : zlen k <= n -> zlen (replicate (Z.to_nat (n - zlen k)) 0 ++ k) = n.
Proof. unfold zlen. intros. rewrite length_app, length_replicate. lia. Qed.

Lemma exchange_secret e d p k : m_key e = Some d -> DH_compute_key (m_dh d) p = Some k ->
  exists e', exchange e p = Some e' /\
    has_secret e' (replicate (Z.to_nat (96 - zlen k)) 0 ++ k).
Proof.
  intros He Hk. unfold exchange. rewrite He. cbn [mbind option_bind]. unfold compute_secret. rewrite Hk.
  eexists. split; [done|]. eexists. split; [done|]. rewrite DH_size_prime. split; [done|]. split; [done|].
  apply padded_length, (DH_compute_key_size _ _ _ Hk).
Qed.

(** When two sides have sent each other their public keys and one of them
    accepts, so does the other, and both have the same secret. *)
Lemma secrets_agree (a b a' : HandshakeEncryption) (da db : DH) (pa pb : list Z) :
  m_key a = Some (mkDiffieHellman da None 0) -> m_key b = Some (mkDiffieHellman db None 0) ->
  store_pub_key (mkDiffieHellman da None 0) 96 = Ok pa ->
  store_pub_key (mkDiffieHellman db None 0) 96 = Ok pb ->
  exchange a pb = Some a' ->
  exists b' s, exchange b pa = Some b' /\ has_secret a' s /\ has_secret b' s.
Proof.
  intros Ha Hb Hpa Hpb Hx. unfold store_pub_key in Hpa, Hpb. cbn [m_dh] in *.
  destruct (DH_get0_pub_key da) as [qa|] eqn:Ea; [|done]. destruct (DH_get0_pub_key db) as [qb|] eqn:Eb; [|done].
  destruct (DH_pub_key_size _ _ Ea) as [La _]. destruct (DH_pub_key_size _ _ Eb) as [Lb _].
  rewrite (proj2 (Z.leb_le (zlen qa) 96)) in Hpa by done. rewrite (proj2 (Z.leb_le (zlen qb) 96)) in Hpb by done.
  simplify_eq.
  destruct (DH_compute_key da (replicate (Z.to_nat (96 - zlen qb)) 0 ++ qb)) as [k|] eqn:Ek.
  - destruct (exchange_secret a _ _ k Ha Ek) as (a1 & E1 & S1). simplify_eq.
    rewrite DH_leading_zeros in Ek. pose proof (DH_agrees da db qa qb k Ea Eb Ek) as Ek'.
    rewrite <- (DH_leading_zeros db (Z.to_nat (96 - zlen qa)) qa) in Ek'.
    destruct (exchange_secret b _ _ k Hb Ek') as (b1 & E2 & S2). eauto 6.
  - unfold exchange in Hx. rewrite Ha in Hx. cbn [mbind option_bind] in Hx. unfold compute_secret in Hx.
    cbn [m_dh] in Hx. by rewrite Ek in Hx.
Qed.

Lemma secret_bytes_of e s : has_secret e s -> exists d, m_key e = Some d /\
  secret_bytes d 96 = Ok s /\ secret_bytes d (m_size d) = Ok s.
Proof.
  intros (d & Hd & Hs & Hz & Hl). exists d. split; [done|]. rewrite Hz. unfold secret_bytes. rewrite Hs.
  rewrite (proj2 (Z.ltb_ge (zlen s) 96)) by lia. res_simpl. rewrite take_ge by (unfold zlen in Hl; lia). done.
Qed.

Lemma stream_key_of e s salt h : has_secret e s -> stream_key e salt h =
  Ok (fst (RC4_crypt (RC4_set_key (sha1_salt2 salt s (take 20 h))) (replicate 1024 0))).
Proof.
  intros Hs. destruct (secret_bytes_of e s Hs) as (d & Hd & H96 & _). unfold stream_key.
  rewrite Hd. res_simpl. by rewrite H96.
Qed.

Lemma salted_secret_of e s salt : has_secret e s -> salted_secret e salt = Ok (sha1_salt salt s).
Proof.
  intros Hs. destruct (secret_bytes_of e s Hs) as (d & Hd & _ & Hz). unfold salted_secret.
  rewrite Hd. res_simpl. by rewrite Hz.
Qed.

Lemma encrypt_all_stream i k ms : m_encrypt i = Some k -> exists i' cs,
  encrypt_all i ms = Ok (i', cs) /\ concat cs = snd (RC4_crypt k (concat ms)) /\
  m_encrypt i' = Some (fst (RC4_crypt k (concat ms))).
Proof.
  revert i k. induction ms as [|m ms IH]; intros i k Hi; cbn [encrypt_all concat].
  - exists i, []. by rewrite RC4_nil.
  - unfold encrypt. rewrite Hi. res_simpl. destruct (RC4_crypt k m) as [k1 c] eqn:Ek. cbv beta iota. res_simpl.
    destruct (IH (mkEncryptionInfo (m_encrypted i) (m_obfuscated i) (m_decryptValid i) (Some k1) (m_decrypt i)) k1)
      as (i' & cs & -> & Hc & Hk); [done|]. res_simpl. exists i', (c :: cs). split; [done|].
    rewrite RC4_app, Ek. cbn [fst snd concat]. by rewrite Hc.
Qed.

Lemma decrypt_all_stream i k cs : m_decrypt i = Some k -> exists i' ms,
  decrypt_all i cs = Ok (i', ms) /\ concat ms = snd (RC4_crypt k (concat cs)) /\
  m_decrypt i' = Some (fst (RC4_crypt k (concat cs))).
Proof.
  revert i k. induction cs as [|c cs IH]; intros i k Hi; cbn [decrypt_all concat].
  - exists i, []. by rewrite RC4_nil.
  - unfold decrypt. rewrite Hi. res_simpl. destruct (RC4_crypt k c) as [k1 m] eqn:Ek. cbv beta iota. res_simpl.
    destruct (IH (mkEncryptionInfo (m_encrypted i) (m_obfuscated i) (m_decryptValid i) (m_encrypt i) (Some k1)) k1)
      as (i' & ms & -> & Hc & Hk); [done|]. res_simpl. exists i', (m :: ms). split; [done|].
    rewrite RC4_app, Ek. cbn [fst snd concat]. by rewrite Hc.
Qed.

(** The side that [incoming] says encrypts what the other side decrypts. *)
Definition streams_meet (a b : HandshakeEncryption) (hash : list Z) (incoming : bool) : Prop :=
  forall ms, Forall bytes_ok ms -> exists a' b' i out,
    initialize_encrypt a hash incoming = Ok a' /\ initialize_decrypt b hash (negb incoming) = Ok b' /\
    encrypt_all (m_info a') ms = Ok (i, out) /\
    forall cs, concat cs = concat out ->
    exists i' got, decrypt_all (m_info b') cs = Ok (i', got) /\ concat got = concat ms.

Lemma shared_streams_meet a b s hash incoming : has_secret a s -> has_secret b s -> streams_meet a b hash incoming.
Proof.
  intros Ha Hb ms Hms. unfold initialize_encrypt, initialize_decrypt.
  rewrite (stream_key_of a s), (stream_key_of b s) by done. res_simpl.
  assert (Hsalt : (if negb incoming then keyA else keyB) = (if incoming then keyB else keyA)) by (by destruct incoming).
  rewrite Hsalt. set (k := fst _).
  destruct (encrypt_all_stream (set_encrypt (m_info a) k) k ms eq_refl) as (i1 & cs1 & E1 & C1 & _).
  eexists _, _, i1, cs1. split; [done|]. split; [done|]. split; [done|]. intros cs Hcs.
  destruct (decrypt_all_stream (set_decrypt (m_info b) k) k cs eq_refl) as (i2 & ms2 & E2 & C2 & _).
  exists i2, ms2. split; [done|]. rewrite C2, Hcs, C1. apply RC4_involutive. by apply Forall_concat.
Qed.

(** C14: When two sides have sent each other their public keys and one of them
    accepts, so does the other, and from then on what either side encrypts, in
    any pieces, the other decrypts to the same bytes, in any pieces: each uses
    for sending the key that the other uses for receiving. *)
Theorem encrypted_stream_roundtrip (a b a' : HandshakeEncryption) (da db : DH) (pa pb hash : list Z) (incoming : bool) :
  m_key a = Some (mkDiffieHellman da None 0) -> m_key b = Some (mkDiffieHellman db None 0) ->
  store_pub_key (mkDiffieHellman da None 0) 96 = Ok pa ->
  store_pub_key (mkDiffieHellman db None 0) 96 = Ok pb ->
  exchange a pb = Some a' ->
  exists b', exchange b pa = Some b' /\ streams_meet a' b' hash incoming /\ streams_meet b' a' hash (negb incoming).
Proof.
  intros Ha Hb Hpa Hpb Hx. destruct (secrets_agree a b a' da db pa pb Ha Hb Hpa Hpb Hx) as (b' & s & E & Sa & Sb).
  exists b'. split; [done|]. split; by apply (shared_streams_meet _ _ s).
Qed.

(** The hash of the download arrives although it is sent combined with a hash
    of the secret. *)
Theorem obfuscated_hash_roundtrip (a b : HandshakeEncryption) (s hash : list Z) :
  has_secret a s -> has_secret b s -> length hash = 20%nat ->
  (h ← salted_secret a req3; deobfuscate_hash b (xor_bytes hash h)) = Ok hash.
Proof.
  intros Ha Hb Hh. unfold deobfuscate_hash. rewrite (salted_secret_of a s), (salted_secret_of b s) by done.
  res_simpl. f_equal. pose proof (SHA1_length (req3 ++ s)) as Hl. unfold sha1_salt, xor_bytes.
  revert Hh Hl. generalize (SHA1 (req3 ++ s)). generalize 20%nat as n. clear.
  induction hash as [|x hash IH]; intros n [|y t] Hn Ht; simpl in *; try done; [subst; done|].
  subst n. rewrite Z.lxor_assoc, Z.lxor_nilpotent, Z.lxor_0_r. f_equal. by apply (IH (length hash)); lia.
Qed.

End Laws.

End HandshakeEncryption.

(** ** A toy instance

    Key streams and keys simple enough to compute with, for the examples. *)

Module Toy.

(** The key stream counts up from the sum of the key. *)
Fixpoint stream (k : Z) (s : list Z) : Z * list Z :=
  match s with
  | [] => (k, [])
  | c :: s => let '(k', out) := stream (u8 (k + 1)) s in (k', Z.lxor c (u8 k) :: out)
  end.

Definition sum (s : list Z) : Z := foldr Z.add 0 s.

#[export] Instance toy_crypto : Crypto := {
  rc4_key := Z;
  RC4_set_key := fun key => u8 (sum key);
  RC4_crypt := stream;
  SHA1 := fun s => (fun i => u8 (sum s + Z.of_nat i)) <$> seq 0 20;
  DH := Z;
  DH_get0_pub_key := fun d => Some [u8 d];
  DH_size := fun _ => 96;
  DH_compute_key := fun d p => Some [u8 (u8 d * sum p)]
}.

Lemma sum_zeros n p : sum (replicate n 0 ++ p) = sum p.
Proof. unfold sum. by induction n. Qed.

Lemma stream_fst k s t : length s = length t -> fst (stream k s) = fst (stream k t).
Proof.
  revert k t. induction s as [|c s IH]; intros k [|d t] Hl; simpl in *; try done.
  specialize (IH (u8 (k + 1)) t ltac:(lia)). destruct (stream _ s), (stream _ t). done.
Qed.

#[export] Instance toy_laws : CryptoLaws.
Proof.
  split; cbn [rc4_key RC4_crypt SHA1 DH_size DH_get0_pub_key DH_compute_key DH toy_crypto].
  - apply stream_fst.
  - done.
  - intros k s. revert k. induction s as [|c s IH]; intros k; simpl; [done|].
    specialize (IH (u8 (k + 1))). destruct (stream _ s). simpl in *. by rewrite IH.
  - intros k s Hs. revert k. induction Hs as [|c s Hc _ IH]; intros k; simpl; [constructor|].
    specialize (IH (u8 (k + 1))). destruct (stream _ s). simpl in *. constructor; [|done].
    apply is_u8_lxor; [done|apply u8_range].
  - intros k s Hs. revert k. induction Hs as [|c s Hc _ IH]; intros k; simpl; [done|].
    specialize (IH (u8 (k + 1))). destruct (stream (u8 (k + 1)) s) as [k' o] eqn:E. simpl in *.
    destruct (stream (u8 (k + 1)) o) as [k2 o2]. simpl in *. subst o2.
    by rewrite Z.lxor_assoc, Z.lxor_nilpotent, Z.lxor_0_r.
  - intros k s t. revert k. induction s as [|c s IH]; intros k; simpl.
    + by destruct (stream k t).
    + rewrite IH. destruct (stream (u8 (k + 1)) s) as [k1 o1]. simpl. by destruct (stream k1 t).
  - intros s. by rewrite length_fmap, length_seq.
  - intros s. apply Forall_fmap, Forall_true. intros i. apply u8_range.
  - done.
  - intros d p [= <-]. split; [unfold zlen; simpl; lia|]. constructor; [apply u8_range|constructor].
  - intros d p k [= <-]. split; [unfold zlen; simpl; lia|]. constructor; [apply u8_range|constructor].
  - intros d n p. by rewrite sum_zeros.
  - intros a b pa pb k [= <-] [= <-] [= <-]. simpl. by rewrite !Z.add_0_r, Z.mul_comm.
Qed.

End Toy.

Section Witnesses.
Import EncryptionPolicy DiffieHellman EncryptionInfo HandshakeEncryption Toy.

(** A side of the exchange with a private key. *)
Definition side (d : Z) : HandshakeEncryption :=
  with_key (new_encryption (mkPolicy false ENCRYPTION_MODE_PREFER ENCRYPTION_MODE_REQUIRE ENCRYPTION_MODE_ALLOW))
    (mkDiffieHellman d None 0).
Definition pub (d : Z) : list Z := replicate 95 0 ++ [u8 d].
Definition shared (d e : Z) : HandshakeEncryption :=
  match exchange (side d) (pub e) with Some x => x | None => side d end.
Definition shared_secret (d e : Z) : list Z := replicate 95 0 ++ [u8 (u8 d * u8 e)].

Lemma shared_has_secret d e : has_secret (shared d e) (shared_secret d e).
Proof.
  unfold shared, side, exchange. cbn [m_key with_key]. cbn [mbind option_bind]. unfold compute_secret.
  cbn [DH_compute_key toy_crypto m_dh]. unfold pub. rewrite sum_zeros. cbn [sum foldr]. rewrite Z.add_0_r.
  eexists. by repeat split.
Qed.

Lemma encrypted_stream_roundtrip_witness : exists b', exchange (side 9) (pub 7) = Some b' /\
  streams_meet (shared 7 9) b' [5] true /\ streams_meet b' (shared 7 9) [5] false.
Proof. apply (encrypted_stream_roundtrip (side 7) (side 9) (shared 7 9) 7 9 (pub 7) (pub 9) [5] true); reflexivity. Defined.

Lemma obfuscated_hash_roundtrip_witness :
  (h ← salted_secret (shared 7 9) req3; deobfuscate_hash (shared 9 7) (xor_bytes (replicate 20 77) h))
  = Ok (replicate 20 77).
Proof.
  apply (obfuscated_hash_roundtrip (shared 7 9) (shared 9 7) (shared_secret 7 9)).
  - apply (shared_has_secret 7 9).
  - apply (shared_has_secret 9 7).
  - reflexivity.
Defined.

End Witnesses.
