(* ===== verification/Proxy.v ===== *)
(** * Proxies (src/net/proxy/proxy.h, proxy_http.cc, proxy_socks5.cc)

    The two dialogues with a proxy that an outgoing connection may have before
    its handshake: HTTP's CONNECT and SOCKS 5.  A proxy object is asked for
    bytes to write and given the bytes that arrived; what it reports as
    consumed is dropped.  A failed [assert] is undefined here. *)

From S2P Require Import Prelude Object Bencode StaticMap ProtocolBase SocketAddress.

Module Proxy.
Import Object SocketAddress StaticMap.

Inductive action := state_writing | state_reading | state_done | state_error.

#[global] Instance action_eq_dec : EqDecision action.
Proof. solve_decision. Defined.

(** [std::search]: where the first occurrence of [pat] starts. *)
Fixpoint is_prefix (pat s : bytes) : bool :=
  match pat, s with
  | [], _ => true
  | x :: pat, y :: s => (x =? y) && is_prefix pat s
  | _, [] => false
  end.

Fixpoint search (pat s : bytes) : option nat :=
  if is_prefix pat s then Some 0%nat
  else match s with [] => None | _ :: s => S <$> search pat s end.

(** ** HTTP *)

Record ProxyHttp := mkHttp {
  m_host : bytes;
  m_port : Z;
  http_state : action;
  m_verified_header : bool
}.

Definition part1 : bytes := ascii_bytes "CONNECT ".
Definition part2 : bytes := ascii_bytes " HTTP/1.1" ++ [13; 10] ++ ascii_bytes "Host: ".
Definition part3 : bytes := [13; 10; 13; 10].

Definition http_write (p : ProxyHttp) (max_size : Z) : res (bytes * ProxyHttp) :=
  _ ← ub_when (negb (bool_decide (http_state p = state_writing)));
  let host_port_str := m_host p ++ [58] ++ Bencode.decimal (m_port p) in
  let header := part1 ++ host_port_str ++ part2 ++ host_port_str ++ part3 in
  _ ← throw_when (max_size <? u32 (zlen header)) internal_error;
  Ok (header, mkHttp (m_host p) (m_port p) state_reading (m_verified_header p)).

Definition with_state (p : ProxyHttp) (a : action) : ProxyHttp :=
  mkHttp (m_host p) (m_port p) a (m_verified_header p).
Definition verified (p : ProxyHttp) : ProxyHttp := mkHttp (m_host p) (m_port p) (http_state p) true.

(** The number of bytes consumed and the proxy. *)
Definition http_search (p : ProxyHttp) (data : bytes) : Z * ProxyHttp :=
  if zlen data <? 4 then (0, p)
  else match search part3 data with
       | None => (zlen data - 3, p)
       | Some i => (Z.of_nat i + 4, with_state p state_done)
       end.

Definition status_ok (data : bytes) : bool :=
  is_prefix (ascii_bytes "HTTP/1.1 200") data || is_prefix (ascii_bytes "HTTP/1.0 200") data.

Definition http_read (p : ProxyHttp) (data : bytes) : res (Z * ProxyHttp) :=
  _ ← ub_when (negb (bool_decide (http_state p = state_reading)));
  if negb (m_verified_header p) then
    if zlen data <? 12 then Ok (0, p)
    else if negb (status_ok data) then Ok (0, with_state p state_error)
    else Ok (http_search (verified p) data)
  else Ok (http_search p data).

(** ** SOCKS 5 *)

Inductive socks_state :=
  | greeting_write | greeting_read | auth_write | auth_read | connect_write | connect_read.

#[global] Instance socks_state_eq_dec : EqDecision socks_state.
Proof. solve_decision. Defined.

Section host.
Context `{ByteOrder}.

Record ProxySocks5 := mkSocks5 {
  m_connect_address : sockaddr;
  m_connect_port : Z;
  m_user : bytes;
  m_password : bytes;
  m_state : action;
  m_socks_state : socks_state
}.

(** The constructors, with their assertions; [proxy_sa] is the address of the
    proxy. *)
Definition new_http (proxy_sa : sockaddr) (host : bytes) (port : Z) : res ProxyHttp :=
  u ← sa_copy_to_inet_union proxy_sa AF_UNSPEC;
  _ ← ub_when (sa_is_any u || (sa_port (Some u) =? 0));
  _ ← ub_when ((zlen host =? 0) || (256 <=? zlen host) || (port =? 0));
  Ok (mkHttp host port state_writing false).
Definition new_socks5 (proxy_sa connect_sa : sockaddr) (user password : bytes) : res ProxySocks5 :=
  u ← sa_copy_to_inet_union proxy_sa AF_UNSPEC;
  c ← sa_copy_to_inet_union connect_sa AF_UNSPEC;
  let port := sa_port (Some connect_sa) in
  _ ← ub_when (sa_is_any u || (sa_port (Some u) =? 0));
  _ ← ub_when (sa_is_any c || (port =? 0));
  _ ← ub_when ((255 <? zlen user) || (255 <? zlen password));
  Ok (mkSocks5 c port user password state_writing greeting_write).

Definition to (p : ProxySocks5) (a : action) (s : socks_state) : ProxySocks5 :=
  mkSocks5 (m_connect_address p) (m_connect_port p) (m_user p) (m_password p) a s.

(** The bytes of a message; [max_size] is the room there is for it. *)
Definition greeting (p : ProxySocks5) : bytes :=
  match m_user p with [] => [5; 1; 0] | _ => [5; 2; 0; 2] end.
Definition auth_request (p : ProxySocks5) : bytes :=
  [1; u8 (zlen (m_user p))] ++ m_user p ++ [u8 (zlen (m_password p))] ++ m_password p.
Definition address_bytes (sa : sockaddr) : res bytes :=
  match sa with
  | AF_INET s => Ok (1 :: store_int 4 (sin_addr s))
  | AF_INET6 s => Ok (4 :: sin6_addr s)
  | _ => Throw internal_error
  end.

Definition socks5_write (p : ProxySocks5) (max_size : Z) : res (bytes * ProxySocks5) :=
  _ ← ub_when (negb (bool_decide (m_state p = state_writing)));
  match m_socks_state p with
  | greeting_write =>
      _ ← throw_when (max_size <? 4) internal_error;
      Ok (greeting p, to p state_reading greeting_read)
  | auth_write =>
      _ ← throw_when (max_size <? 3 + zlen (m_user p) + zlen (m_password p)) internal_error;
      Ok (auth_request p, to p state_reading auth_read)
  | connect_write =>
      _ ← throw_when (max_size <? 22) internal_error;
      a ← address_bytes (m_connect_address p);
      Ok ([5; 1; 0] ++ a ++ [u8 (Z.shiftr (m_connect_port p) 8); Z.land (m_connect_port p) 255],
          to p state_reading connect_read)
  | _ => Throw internal_error
  end.

Definition byte_of (data : bytes) (i : nat) : Z := nth i data 0.

Definition greeting_reply (p : ProxySocks5) (data : bytes) : Z * ProxySocks5 :=
  if zlen data <? 2 then (0, p)
  else if negb (byte_of data 0 =? 5) then (0, to p state_error (m_socks_state p))
  else if byte_of data 1 =? 0 then (2, to p state_writing connect_write)
  else if byte_of data 1 =? 2 then
    match m_user p with
    | [] => (0, to p state_error (m_socks_state p))
    | _ => (2, to p state_writing auth_write)
    end
  else (0, to p state_error (m_socks_state p)).

Definition auth_reply (p : ProxySocks5) (data : bytes) : Z * ProxySocks5 :=
  if zlen data <? 2 then (0, p)
  else if negb (byte_of data 0 =? 1) || negb (byte_of data 1 =? 0)
  then (0, to p state_error (m_socks_state p))
  else (2, to p state_writing connect_write).

(** The part of a connect reply after its fixed six bytes. *)
Definition address_size (data : bytes) : option Z :=
  if byte_of data 3 =? 1 then Some 4
  else if byte_of data 3 =? 4 then Some 16
  else if byte_of data 3 =? 3 then Some (1 + byte_of data 4)
  else None.

Definition connect_reply (p : ProxySocks5) (data : bytes) : Z * ProxySocks5 :=
  if zlen data <? 2 then (0, p)
  else if negb (byte_of data 0 =? 5) || negb (byte_of data 1 =? 0)
  then (0, to p state_error (m_socks_state p))
  else if zlen data <? 6 then (0, p)
  else match address_size data with
       | None => (0, to p state_error (m_socks_state p))
       | Some n =>
           if zlen data - 6 <? n then (0, p)
           else (6 + n, to p state_done (m_socks_state p))
       end.

Definition socks5_read (p : ProxySocks5) (data : bytes) : res (Z * ProxySocks5) :=
  _ ← ub_when (negb (bool_decide (m_state p = state_reading)));
  match m_socks_state p with
  | greeting_read => Ok (greeting_reply p data)
  | auth_read => Ok (auth_reply p data)
  | connect_read => Ok (connect_reply p data)
  | _ => Ok (0, to p state_error (m_socks_state p))
  end.

(** ** The common interface *)

Inductive Proxy := Http (p : ProxyHttp) | Socks5 (p : ProxySocks5).

Definition next_action (p : Proxy) : action :=
  match p with Http p => http_state p | Socks5 p => m_state p end.

Definition read (p : Proxy) (data : bytes) : res (Z * Proxy) :=
  match p with
  | Http p => '(n, p) ← http_read p data; Ok (n, Http p)
  | Socks5 p => '(n, p) ← socks5_read p data; Ok (n, Socks5 p)
  end.

Definition write (p : Proxy) (max_size : Z) : res (bytes * Proxy) :=
  match p with
  | Http p => '(s, p) ← http_write p max_size; Ok (s, Http p)
  | Socks5 p => '(s, p) ← socks5_write p max_size; Ok (s, Socks5 p)
  end.

(** ** Replies are taken exactly *)

Lemma is_prefix_app pat s t : is_prefix pat s = true -> is_prefix pat (s ++ t) = true.
Proof.
  revert s. induction pat as [|x pat IH]; intros [|y s] Hp; simpl in *; try done.
  apply andb_true_iff in Hp as [-> Hp]. by apply IH.
Qed.

Lemma is_prefix_take pat s n : (length pat <= n)%nat -> is_prefix pat (take n s) = is_prefix pat s.
Proof.
  revert s n. induction pat as [|x pat IH]; intros [|y s] [|n] Hl; simpl in *; try done; [lia|].
  rewrite IH by lia. done.
Qed.

Lemma is_prefix_length pat s : is_prefix pat s = true -> (length pat <= length s)%nat.
Proof.
  revert s. induction pat as [|x pat IH]; intros [|y s] Hp; simpl in *; try done; [lia|].
  apply andb_true_iff in Hp as [_ Hp]. specialize (IH s Hp). lia.
Qed.

(** [search] finds the first place where the pattern starts. *)
Lemma search_first pat s i : search pat s = Some i <->
  is_prefix pat (drop i s) = true /\ (forall j, (j < i)%nat -> is_prefix pat (drop j s) = false).
Proof.
  revert i. induction s as [|y s IH]; intros i; cbn [search].
  - destruct (is_prefix pat []) eqn:E; split.
    + intros [= <-]. split; [done|]. intros j Hj. lia.
    + intros [H1 H2]. destruct i as [|i]; [done|]. specialize (H2 0%nat ltac:(lia)). simpl in H2. congruence.
    + done.
    + intros [H1 _]. rewrite drop_nil in H1. congruence.
  - destruct (is_prefix pat (y :: s)) eqn:E; split.
    + intros [= <-]. split; [done|]. intros j Hj. lia.
    + intros [H1 H2]. destruct i as [|i]; [done|]. specialize (H2 0%nat ltac:(lia)). simpl in H2. congruence.
    + destruct (search pat s) as [k|] eqn:Ek; [|done]. intros [= <-].
      destruct (proj1 (IH k) eq_refl) as [H1 H2]. split; [done|]. intros [|j] Hj; [done|]. apply H2. lia.
    + intros [H1 H2]. destruct i as [|i]; [simpl in H1; congruence|].
      replace (search pat s) with (Some i); [done|]. symmetry. apply IH. split; [done|].
      intros j Hj. apply (H2 (S j)). lia.
Qed.

Lemma search_none pat s : (forall j, is_prefix pat (drop j s) = false) -> search pat s = None.
Proof.
  intros Hn. destruct (search pat s) as [i|] eqn:E; [|done]. apply search_first in E as [E _].
  by rewrite Hn in E.
Qed.

(** The bytes from [a] to [k] of a stream, as a buffer has them. *)
Definition window (a k : nat) (s : bytes) : bytes := drop a (take k s).

Lemma window_length a k s : (a <= k)%nat -> (k <= length s)%nat -> length (window a k s) = (k - a)%nat.
Proof. intros. unfold window. rewrite length_drop, length_take. lia. Qed.

Lemma window_more a k s c rest : (a <= k)%nat -> (k <= length s)%nat -> drop k s = c ++ rest ->
  window a k s ++ c = window a (k + length c) s.
Proof.
  intros Ha Hk Hd. unfold window.
  assert (Ht : take (k + length c) s = take k s ++ c).
  { rewrite <- (take_drop k s) at 1. rewrite Hd. rewrite take_app_ge by (rewrite length_take; lia).
    rewrite length_take. replace (k + length c - k `min` length s)%nat with (length c) by lia.
    by rewrite take_app_length. }
  rewrite Ht, drop_app_le by (rewrite length_take; lia). done.
Qed.

(** Searching a window finds what starts and ends in it. *)
Lemma window_prefix pat a k s j : (j + length pat <= k - a)%nat ->
  is_prefix pat (drop j (window a k s)) = is_prefix pat (drop (a + j) s).
Proof.
  intros Hl. unfold window. rewrite drop_drop.
  rewrite List.skipn_firstn_comm. apply is_prefix_take. lia.
Qed.

(** What a connection does with its proxy's answers: append what arrives to
    the bytes not consumed, let the proxy read while it wants to. *)
Fixpoint feed (p : Proxy) (buf : bytes) (chunks : list bytes) : res (Proxy * bytes) :=
  match chunks with
  | [] => Ok (p, buf)
  | c :: chunks =>
      let buf := buf ++ c in
      if bool_decide (next_action p = state_reading) then
        '(n, p) ← read p buf; feed p (drop (Z.to_nat n) buf) chunks
      else feed p buf chunks
  end.

(** A reply of a HTTP proxy that accepts: it ends at its first empty line. *)
Definition http_reply (reply : bytes) : Prop :=
  status_ok reply = true /\ (16 <= length reply)%nat /\
  search part3 reply = Some (length reply - 4)%nat.

Section reply.
Variables reply rest : bytes.
Hypothesis Hreply : http_reply reply.

Lemma prefix_in_stream pat j : (j + length pat <= length reply)%nat ->
  is_prefix pat (drop j (reply ++ rest)) = is_prefix pat (drop j reply).
Proof.
  intros Hj. rewrite drop_app_le by lia.
  rewrite <- (is_prefix_take pat (drop j reply ++ rest) (length (drop j reply))) by (rewrite length_drop; lia).
  by rewrite take_app_length.
Qed.

Lemma stream_search j : (j <= length reply - 4)%nat ->
  is_prefix part3 (drop j (reply ++ rest)) = bool_decide (j = (length reply - 4)%nat).
Proof.
  destruct Hreply as (_ & H16 & Hs). apply search_first in Hs as [H1 H2]. intros Hj.
  rewrite prefix_in_stream by (simpl; lia). case_bool_decide as E; [by subst|]. apply H2. lia.
Qed.

(** The proxy and its buffer after [k] bytes of the stream. *)
Definition progress (p : ProxyHttp) (buf : bytes) (k : nat) : Prop :=
  if bool_decide (http_state p = state_done) then buf = window (length reply) k (reply ++ rest) /\ (length reply <= k)%nat
  else http_state p = state_reading /\ (k < length reply)%nat /\
    exists a, buf = window a k (reply ++ rest) /\ (a <= k)%nat /\ (a <= length reply - 4)%nat /\
      (m_verified_header p = false -> a = 0%nat).

Lemma search_progress p a k : http_state p = state_reading -> m_verified_header p = true ->
  (a <= k)%nat -> (a <= length reply - 4)%nat -> (k <= length (reply ++ rest))%nat ->
  let '(n, p') := http_search p (window a k (reply ++ rest)) in
  progress p' (drop (Z.to_nat n) (window a k (reply ++ rest))) k.
Proof.
  intros Hp Hv Ha Hl Hk. pose proof Hreply as (_ & H16 & _). unfold http_search.
  set (S := reply ++ rest) in *. pose proof (window_length a k S Ha Hk) as Hw.
  destruct (zlen (window a k S) <? 4) eqn:E4; bool_prop; unfold zlen in E4; rewrite Hw in E4.
  - unfold progress. rewrite Hp. change (bool_decide (state_reading = state_done)) with false.
    split; [done|]. split; [lia|]. exists a. rewrite drop_0. split; [done|]. split; [lia|]. split; [lia|].
    by rewrite Hv.
  - destruct (decide (length reply <= k)%nat) as [Hge|Hlt].
    + assert (Hs : search part3 (window a k S) = Some (length reply - 4 - a)%nat).
      { apply search_first. split.
        - rewrite window_prefix by (simpl; lia). subst S. rewrite stream_search by lia.
          apply bool_decide_eq_true. lia.
        - intros j Hj. rewrite window_prefix by (simpl; lia). subst S. rewrite stream_search by lia.
          apply bool_decide_eq_false. lia. }
      rewrite Hs. unfold progress, with_state. cbn [http_state].
      change (bool_decide (state_done = state_done)) with true. cbv iota. split; [|lia].
      unfold window. rewrite drop_drop. f_equal. lia.
    + assert (Hs : search part3 (window a k S) = None).
      { apply search_none. intros j. destruct (decide (j + 4 <= k - a)%nat) as [Hj|Hj].
        - rewrite window_prefix by (simpl; lia). subst S. rewrite stream_search by lia.
          apply bool_decide_eq_false. lia.
        - destruct (is_prefix part3 (drop j (window a k S))) eqn:E; [|done].
          apply is_prefix_length in E. rewrite length_drop, Hw in E. simpl in E. lia. }
      rewrite Hs. unfold progress. rewrite Hp. change (bool_decide (state_reading = state_done)) with false.
      split; [done|]. split; [lia|]. exists (k - 3)%nat. unfold zlen. rewrite Hw.
      replace (Z.to_nat (Z.of_nat (k - a) - 3)) with (k - 3 - a)%nat by lia.
      split; [unfold window; rewrite drop_drop; f_equal; lia|]. split; [lia|]. split; [lia|]. by rewrite Hv.
Qed.

Lemma read_progress p buf c k : progress p buf k -> (k + length c <= length (reply ++ rest))%nat ->
  drop k (reply ++ rest) = c ++ drop (k + length c) (reply ++ rest) ->
  http_state p = state_reading ->
  exists n p', http_read p (buf ++ c) = Ok (n, p') /\
    progress p' (drop (Z.to_nat n) (buf ++ c)) (k + length c).
Proof.
  intros Hpr Hk Hd Hst. pose proof Hreply as (Hok & H16 & _). unfold progress in Hpr. rewrite Hst in Hpr.
  change (bool_decide (state_reading = state_done)) with false in Hpr.
  destruct Hpr as (_ & Hlt & a & -> & Ha & Hl & Hv). set (S := reply ++ rest) in *.
  rewrite (window_more a k S c _ Ha ltac:(lia) Hd).
  set (k' := (k + length c)%nat) in *. unfold http_read. rewrite Hst.
  change (bool_decide (state_reading = state_reading)) with true. cbn [negb]. res_simpl.
  destruct (m_verified_header p) eqn:Ev; cbn [negb].
  - pose proof (search_progress p a k' Hst Ev ltac:(lia) Hl Hk) as Hs.
    fold S in Hs. destruct (http_search p (window a k' S)) as [n p']. by exists n, p'.
  - specialize (Hv eq_refl). subst a. pose proof (window_length 0 k' S ltac:(lia) Hk) as Hw.
    destruct (zlen (window 0 k' S) <? 12) eqn:E12; bool_prop; unfold zlen in E12; rewrite Hw in E12.
    + exists 0, p. split; [done|]. unfold progress. rewrite Hst.
      change (bool_decide (state_reading = state_done)) with false. split; [done|]. split; [lia|].
      exists 0%nat. rewrite drop_0. split; [done|]. split; [lia|]. by split; [lia|].
    + assert (Hs : status_ok (window 0 k' S) = true).
      { unfold status_ok, window. rewrite drop_0. rewrite !is_prefix_take by (cbn; lia).
        unfold status_ok in Hok. apply orb_true_iff in Hok as [H0|H0]; subst S;
          rewrite (is_prefix_app _ _ rest H0); [done|by rewrite orb_true_r]. }
      rewrite Hs. cbn [negb].
      pose proof (search_progress (verified p) 0 k' Hst eq_refl ltac:(lia) ltac:(lia) Hk) as Hp'.
      fold S in Hp'. destruct (http_search (verified p) (window 0 k' S)) as [n p']. by exists n, p'.
Qed.

Lemma feed_progress p buf k chunks : progress p buf k -> drop k (reply ++ rest) = concat chunks ->
  (k <= length (reply ++ rest))%nat ->
  exists p' buf', feed (Http p) buf chunks = Ok (Http p', buf') /\
    progress p' buf' (length (reply ++ rest)).
Proof.
  revert p buf k. induction chunks as [|c chunks IH]; intros p buf k Hp Hd Hk; cbn [feed concat] in *.
  - exists p, buf. split; [done|]. assert (length (drop k (reply ++ rest)) = 0%nat) by (by rewrite Hd).
    rewrite length_drop in *. replace (length (reply ++ rest)) with k by lia. done.
  - assert (Hl : (k + length c <= length (reply ++ rest))%nat).
    { assert (HH : length (drop k (reply ++ rest)) = length (c ++ concat chunks)) by (by rewrite Hd).
      rewrite length_drop, (length_app c) in HH. lia. }
    assert (Hd' : drop (k + length c) (reply ++ rest) = concat chunks).
    { rewrite <- drop_drop, Hd. by rewrite drop_app_length. }
    cbn [next_action]. case_bool_decide as Hst.
    + destruct (read_progress p buf c k Hp Hl) as (n & p' & Hr & Hp'); [by rewrite Hd'|done|].
      cbn [read]. rewrite Hr. res_simpl. by apply (IH p' _ (k + length c)%nat).
    + apply (IH p _ (k + length c)%nat); [|done|done]. unfold progress in *.
      case_bool_decide; [|by destruct Hp]. destruct Hp as [-> Hge]. split; [|lia].
      apply (window_more _ _ _ c (concat chunks)); [lia|lia|done].
Qed.

End reply.

(** However the reply of a HTTP proxy that accepts is cut into pieces, and
    whatever follows it, the proxy object consumes the reply and not a byte
    more. *)
Theorem http_reply_delimited (host : bytes) (port : Z) (reply rest : bytes) (chunks : list bytes) :
  http_reply reply -> concat chunks = reply ++ rest ->
  exists p, feed (Http (mkHttp host port state_reading false)) [] chunks = Ok (Http p, rest) /\
    http_state p = state_done.
Proof.
  intros Hr Hc. pose proof Hr as (_ & H16 & _).
  destruct (feed_progress reply rest Hr (mkHttp host port state_reading false) [] 0 chunks)
    as (p & buf & Hf & Hp).
  - split; [done|]. split; [lia|]. exists 0%nat. by repeat split; try lia.
  - done.
  - lia.
  - exists p. unfold progress in Hp. case_bool_decide as Hst.
    + destruct Hp as [-> _]. split; [|done]. rewrite Hf. unfold window.
      rewrite take_ge by lia. by rewrite drop_app_length.
    + destruct Hp as (_ & Hlt & _). rewrite length_app in Hlt. lia.
Qed.

(** Every answer of a SOCKS proxy that moves the dialogue on is taken exactly:
    what follows it does not matter, and any shorter part of it is waited
    for. *)
Theorem socks5_reply_delimited (p p' : ProxySocks5) (data more : bytes) (n : Z) :
  socks5_read p data = Ok (n, p') -> Forall is_u8 data -> 0 < n ->
  n <= zlen data /\
  socks5_read p (take (Z.to_nat n) data ++ more) = Ok (n, p') /\
  (forall k, (k < Z.to_nat n)%nat -> socks5_read p (take k data) = Ok (0, p)).
Proof.
  intros Hr Hu Hn. unfold socks5_read in *. destruct (bool_decide (m_state p = state_reading)); [|done].
  cbn [negb] in *. res_simpl.
  assert (Hb : forall i k t, (i < k)%nat -> (k <= length data)%nat -> byte_of (take k data ++ t) i = byte_of data i).
  { intros i k t Hi Hk. unfold byte_of. rewrite app_nth1 by (rewrite length_take; lia).
    rewrite <- (take_drop k data) at 2. by rewrite app_nth1 by (rewrite length_take; lia). }
  assert (Hz : forall k t, (k <= length data)%nat -> zlen (take k data ++ t) = Z.of_nat k + zlen t).
  { intros k t Hk. unfold zlen. rewrite length_app, length_take. lia. }
  pose proof (zlen_nonneg more) as Hm.
  destruct (m_socks_state p); try (injection Hr as <- <-; lia).
  - unfold greeting_reply in *. destruct (zlen data <? 2) eqn:E2; [injection Hr as <- <-; lia|]. bool_prop.
    assert (n = 2) as -> 
      by (destruct (negb _), (byte_of data 1 =? 0), (byte_of data 1 =? 2), (m_user p); injection Hr as <- <-; lia).
    unfold zlen in E2. split; [unfold zlen; lia|]. rewrite Hz by lia. change (Z.of_nat (Z.to_nat 2)) with 2.
    rewrite (proj2 (Z.ltb_ge (2 + zlen more) 2)) by lia. rewrite !Hb by lia. split; [done|].
    intros k Hk. rewrite <- (app_nil_r (take k data)), Hz by lia.
    by rewrite (proj2 (Z.ltb_lt _ 2)) by (change (zlen (@nil Z)) with 0; lia).
  - unfold auth_reply in *. destruct (zlen data <? 2) eqn:E2; [injection Hr as <- <-; lia|]. bool_prop.
    assert (n = 2) as -> by (destruct (_ || _); injection Hr as <- <-; lia).
    unfold zlen in E2. split; [unfold zlen; lia|]. rewrite Hz by lia. change (Z.of_nat (Z.to_nat 2)) with 2.
    rewrite (proj2 (Z.ltb_ge (2 + zlen more) 2)) by lia. rewrite !Hb by lia. split; [done|].
    intros k Hk. rewrite <- (app_nil_r (take k data)), Hz by lia.
    by rewrite (proj2 (Z.ltb_lt _ 2)) by (change (zlen (@nil Z)) with 0; lia).
  - unfold connect_reply in *. destruct (zlen data <? 2) eqn:E2; [injection Hr as <- <-; lia|]. bool_prop.
    destruct (negb (byte_of data 0 =? 5) || negb (byte_of data 1 =? 0)) eqn:Eb; [injection Hr as <- <-; lia|].
    destruct (zlen data <? 6) eqn:E6; [injection Hr as <- <-; lia|]. apply Z.ltb_ge in E6.
    destruct (address_size data) as [m|] eqn:Em; [|injection Hr as <- <-; lia].
    destruct (zlen data - 6 <? m) eqn:El; [injection Hr as <- <-; lia|]. apply Z.ltb_ge in El. injection Hr as <- <-.
    assert (Hlen : zlen data = Z.of_nat (length data)) by done. assert (Hm0 : 1 <= m).
    { unfold address_size in Em. assert (is_u8 (byte_of data 4)).
      { unfold byte_of. apply Forall_nth; [done|lia]. }
      unfold is_u8 in *. repeat case_bool; simplify_eq; lia. }
    assert (Hsz : forall k t, (6 <= k)%nat -> (k <= length data)%nat -> address_size (take k data ++ t) = Some m).
    { intros k t Hk1 Hk2. unfold address_size. by rewrite !Hb by lia. }
    split; [lia|]. rewrite Hz by lia.
    rewrite (proj2 (Z.ltb_ge _ 2)) by lia. rewrite !Hb by lia. rewrite Eb.
    rewrite (proj2 (Z.ltb_ge _ 6)) by lia. rewrite Hsz by lia. rewrite (proj2 (Z.ltb_ge _ m)) by lia.
    split; [done|]. intros k Hk. rewrite <- (app_nil_r (take k data)), Hz by lia.
    change (zlen (@nil Z)) with 0. destruct (Z.of_nat k + 0 <? 2) eqn:F2; [done|]. apply Z.ltb_ge in F2.
    rewrite !Hb by lia. rewrite Eb. destruct (Z.of_nat k + 0 <? 6) eqn:F6; [done|]. apply Z.ltb_ge in F6.
    rewrite Hsz by lia. by rewrite (proj2 (Z.ltb_lt _ m)) by lia.
Qed.

Lemma digits_short n v acc : (length (Bencode.digits n v acc) <= n + length acc)%nat.
Proof.
  revert v acc. induction n as [|n IH]; intros v acc; cbn [Bencode.digits]; [lia|].
  destruct (v =? 0); [lia|]. etransitivity; [apply IH|]. simpl. lia.
Qed.

Lemma decimal_short v : 0 <= v -> zlen (Bencode.decimal v) <= 20.
Proof.
  intros Hv. unfold Bencode.decimal. destruct (v =? 0); [by vm_compute|].
  rewrite (proj2 (Z.ltb_ge v 0)) by lia. pose proof (digits_short 20 v []) as Hd. unfold zlen. cbn [length] in Hd. lia.
Qed.

Lemma parts_length : zlen part1 = 8 /\ zlen part2 = 17 /\ zlen part3 = 4.
Proof. by vm_compute. Qed.

#[local] Opaque part1 part2 part3.

(** What a proxy writes fits the room it was given. *)
Theorem proxy_write_fits (p p' : Proxy) (max_size : Z) (out : bytes) :
  match p with
  | Http p => zlen (m_host p) < 256 /\ 0 <= m_port p < 2 ^ 16
  | Socks5 p => match m_connect_address p with
                | AF_INET6 s => zlen (sin6_addr s) = 16
                | _ => True
                end
  end ->
  write p max_size = Ok (out, p') -> zlen out <= max_size /\ 0 < zlen out /\ next_action p' = state_reading.
Proof.
  intros Hp Hw. destruct p as [p|p]; cbn [write] in Hw; res_inv.
  - destruct v as [o p1]. unfold http_write in E. res_inv. bool_prop.
    set (hp := m_host p ++ [58] ++ Bencode.decimal (m_port p)) in *.
    assert (Hlen : 0 <= zlen hp <= 300).
    { subst hp. rewrite !Bencode.zlen_app. pose proof (decimal_short (m_port p) ltac:(lia)).
      pose proof (zlen_nonneg (m_host p)). pose proof (zlen_nonneg (Bencode.decimal (m_port p))).
      change (zlen [58]) with 1. lia. }
    assert (Hz : zlen hp = zlen (m_host p) + zlen (58 :: Bencode.decimal (m_port p)))
      by (subst hp; by rewrite Bencode.zlen_app).
    destruct parts_length as (L1 & L2 & L3). rewrite !Bencode.zlen_app, L1, L2, L3 in *.
    rewrite u32_small in * by lia. split; [lia|]. split; [lia|done].
  - destruct v as [o p1]. unfold socks5_write in E. res_inv.
    pose proof (zlen_nonneg (m_user p)). pose proof (zlen_nonneg (m_password p)).
    destruct (m_socks_state p); res_inv; bool_prop.
    + assert (1 <= zlen (greeting p) <= 4) by (unfold greeting, zlen; destruct (m_user p); simpl; lia).
      split; [lia|]. split; [lia|done].
    + unfold auth_request. rewrite !Bencode.zlen_app. change (zlen [_; _]) with 2. change (zlen [_]) with 1.
      split; [lia|]. split; [lia|done].
    + assert (1 <= zlen v0 <= 17).
      { unfold address_bytes in E2. destruct (m_connect_address p) as [|sin|sin6| |]; try discriminate E2; injection E2 as <-.
        - unfold zlen. cbn [length]. rewrite store_length. lia.
        - rewrite Bencode.zlen_cons. lia. }
      rewrite !Bencode.zlen_cons, Bencode.zlen_app. change (zlen [_; _]) with 2. split; [lia|]. split; [lia|done].
Qed.

End host.

End Proxy.
