(* ===== verification/PeerList.v ===== *)
(** * Peers of a download (src/torrent/peer/peer_info.h, peer_list.cc, src/download/available_list.cc)

    Module [PeerInfo]: what is known of one peer.  Module [AvailableList]: the
    addresses to connect to.  Module [PeerList]: the peers of a download by
    address.  A [PeerInfo] is shared by pointer, so the peers are a store of
    their own; a [std::multimap] is the list of its entries in order.  The
    clock, in seconds, is an argument. *)

From S2P Require Import Prelude Object ProtocolBase SocketAddress Utils.

(** ** Peers (peer_info.h) *)

Module PeerInfo.
Import SocketAddress.

Record PeerInfo := mkPeerInfo {
  m_flags : Z;
  m_id : list Z;
  m_options : list Z;
  m_failedCounter : Z;
  m_transferCounter : Z;
  m_lastConnection : Z;
  m_lastHandshake : Z;
  m_listenPort : Z;
  m_address : sockaddr;
  m_connection : option Z
}.

Definition flag_connected : Z := Z.shiftl 1 0.
Definition flag_incoming : Z := Z.shiftl 1 1.
Definition flag_handshake : Z := Z.shiftl 1 2.
Definition flag_blocked : Z := Z.shiftl 1 3.
Definition flag_restart : Z := Z.shiftl 1 4.
Definition flag_unwanted : Z := Z.shiftl 1 5.
Definition flag_preferred : Z := Z.shiftl 1 6.
Definition mask_ip_table : Z := Z.lor flag_unwanted flag_preferred.

Definition has_flag (p : PeerInfo) (f : Z) : bool := negb (Z.land (m_flags p) f =? 0).
Definition is_connected (p : PeerInfo) : bool := has_flag p flag_connected.
Definition is_incoming (p : PeerInfo) : bool := has_flag p flag_incoming.
Definition is_handshake (p : PeerInfo) : bool := has_flag p flag_handshake.
Definition is_blocked (p : PeerInfo) : bool := has_flag p flag_blocked.

(** The options and the identifier are not initialised by the constructor;
    they are read after a handshake has written them. *)
Definition new_peer_info (address : sockaddr) : PeerInfo :=
  mkPeerInfo 0 (replicate 20 0) (replicate 8 0) 0 0 0 0 0 address None.

Definition with_flags (p : PeerInfo) (f : Z) : PeerInfo :=
  mkPeerInfo f (m_id p) (m_options p) (m_failedCounter p) (m_transferCounter p) (m_lastConnection p)
    (m_lastHandshake p) (m_listenPort p) (m_address p) (m_connection p).
Definition set_flags (p : PeerInfo) (f : Z) : PeerInfo := with_flags p (Z.lor (m_flags p) f).
Definition unset_flags (p : PeerInfo) (f : Z) : PeerInfo := with_flags p (Z.ldiff (m_flags p) f).
Definition set_id (p : PeerInfo) (id : list Z) : PeerInfo :=
  mkPeerInfo (m_flags p) id (m_options p) (m_failedCounter p) (m_transferCounter p) (m_lastConnection p)
    (m_lastHandshake p) (m_listenPort p) (m_address p) (m_connection p).
Definition set_options (p : PeerInfo) (o : list Z) : PeerInfo :=
  mkPeerInfo (m_flags p) (m_id p) o (m_failedCounter p) (m_transferCounter p) (m_lastConnection p)
    (m_lastHandshake p) (m_listenPort p) (m_address p) (m_connection p).
Definition set_failed_counter (p : PeerInfo) (c : Z) : PeerInfo :=
  mkPeerInfo (m_flags p) (m_id p) (m_options p) c (m_transferCounter p) (m_lastConnection p)
    (m_lastHandshake p) (m_listenPort p) (m_address p) (m_connection p).
Definition set_last_connection (p : PeerInfo) (t : Z) : PeerInfo :=
  mkPeerInfo (m_flags p) (m_id p) (m_options p) (m_failedCounter p) (m_transferCounter p) t
    (m_lastHandshake p) (m_listenPort p) (m_address p) (m_connection p).
Definition set_last_handshake (p : PeerInfo) (t : Z) : PeerInfo :=
  mkPeerInfo (m_flags p) (m_id p) (m_options p) (m_failedCounter p) (m_transferCounter p) (m_lastConnection p)
    t (m_listenPort p) (m_address p) (m_connection p).
Definition set_listen_port (p : PeerInfo) (port : Z) : PeerInfo :=
  mkPeerInfo (m_flags p) (m_id p) (m_options p) (m_failedCounter p) (m_transferCounter p) (m_lastConnection p)
    (m_lastHandshake p) port (m_address p) (m_connection p).
Definition set_connection (p : PeerInfo) (c : option Z) : PeerInfo :=
  mkPeerInfo (m_flags p) (m_id p) (m_options p) (m_failedCounter p) (m_transferCounter p) (m_lastConnection p)
    (m_lastHandshake p) (m_listenPort p) (m_address p) c.
Definition set_address (p : PeerInfo) (a : sockaddr) : PeerInfo :=
  mkPeerInfo (m_flags p) (m_id p) (m_options p) (m_failedCounter p) (m_transferCounter p) (m_lastConnection p)
    (m_lastHandshake p) (m_listenPort p) a (m_connection p).

Definition option_byte (p : PeerInfo) (i : nat) : Z := nth i (m_options p) 0.
Definition supports_dht (p : PeerInfo) : bool := negb (Z.land (option_byte p 7) 1 =? 0).
Definition supports_extensions (p : PeerInfo) : bool := negb (Z.land (option_byte p 5) 16 =? 0).

Definition set_port `{ByteOrder} (p : PeerInfo) (port : Z) : res PeerInfo :=
  a ← sa_set_port (m_address p) port; Ok (set_address p a).

(** The counter of transfers; [~uint32_t()] is its largest value. *)
Definition inc_transfer_counter (p : PeerInfo) : res PeerInfo :=
  _ ← throw_when (m_transferCounter p =? 2 ^ 32 - 1) internal_error;
  Ok (mkPeerInfo (m_flags p) (m_id p) (m_options p) (m_failedCounter p) (m_transferCounter p + 1)
        (m_lastConnection p) (m_lastHandshake p) (m_listenPort p) (m_address p) (m_connection p)).
Definition dec_transfer_counter (p : PeerInfo) : res PeerInfo :=
  _ ← throw_when (m_transferCounter p =? 0) internal_error;
  Ok (mkPeerInfo (m_flags p) (m_id p) (m_options p) (m_failedCounter p) (m_transferCounter p - 1)
        (m_lastConnection p) (m_lastHandshake p) (m_listenPort p) (m_address p) (m_connection p)).

Lemma peer_flag_bit p n : 0 <= n -> has_flag p (2 ^ n) = Z.testbit (m_flags p) n.
Proof. apply land_pow2. Qed.

Lemma set_flag_bit p n k : 0 <= n -> 0 <= k ->
  has_flag (set_flags p (2 ^ n)) (2 ^ k) = (bool_decide (n = k) || has_flag p (2 ^ k)).
Proof.
  intros Hn Hk. rewrite !peer_flag_bit by done. cbn [m_flags set_flags with_flags].
  rewrite Z.lor_spec, Z.pow2_bits_eqb by done. rewrite orb_comm. f_equal.
  case_bool_decide as He; [by apply Z.eqb_eq|by apply Z.eqb_neq].
Qed.

Lemma unset_flag_bit p n k : 0 <= n -> 0 <= k ->
  has_flag (unset_flags p (2 ^ n)) (2 ^ k) = (negb (bool_decide (n = k)) && has_flag p (2 ^ k)).
Proof.
  intros Hn Hk. rewrite !peer_flag_bit by done. cbn [m_flags unset_flags with_flags].
  rewrite Z.ldiff_spec, Z.pow2_bits_eqb by done. rewrite andb_comm. do 2 f_equal.
  case_bool_decide as He; [by apply Z.eqb_eq|by apply Z.eqb_neq].
Qed.

End PeerInfo.

(** ** Addresses to connect to *)

Module AvailableList.
Import SocketAddress AddressList.

(** The vector with its capacity, the limit on its size and the buffer. *)
Record AvailableList := mkAvailable {
  addresses : list sockaddr;
  m_capacity : Z;
  m_maxSize : Z;
  m_buffer : AddressList
}.

Definition size (l : AvailableList) : Z := zlen (addresses l).
Definition want_more (l : AvailableList) : bool := size l <=? m_maxSize l.
Definition set_max_size (l : AvailableList) (s : Z) : AvailableList :=
  mkAvailable (addresses l) (m_capacity l) s (m_buffer l).
Definition with_addresses (l : AvailableList) (v : list sockaddr) : AvailableList :=
  mkAvailable v (Z.max (m_capacity l) (zlen v)) (m_maxSize l) (m_buffer l).
Definition reserve (l : AvailableList) (n : Z) : AvailableList :=
  mkAvailable (addresses l) (Z.max (m_capacity l) n) (m_maxSize l) (m_buffer l).

(** The last element takes the place of the one at [idx]. *)
Definition take_out (l : AvailableList) (idx : nat) : res (sockaddr * AvailableList) :=
  tmp ← of_deref (addresses l !! idx);
  b ← of_deref (last (addresses l));
  Ok (tmp, with_addresses l (removelast (<[idx := b]> (addresses l)))).

Definition pop_random (rnd : Z) (l : AvailableList) : res (sockaddr * AvailableList) :=
  _ ← throw_when (size l =? 0) internal_error;
  take_out l (Z.to_nat (rnd mod size l)).

Definition erase (l : AvailableList) (idx : nat) : res AvailableList :=
  '(_, l) ← take_out l idx; Ok l.

Fixpoint find_equal (sa : sockaddr) (v : list sockaddr) : res bool :=
  match v with
  | [] => Ok false
  | a :: v => e ← sa_equal a sa; if e : bool then Ok true else find_equal sa v
  end.

(** [valid] is whether iterators into the vector are still to be used, so that
    it must not be moved. *)
Definition insert_unique (valid : bool) (sa : sockaddr) (l : AvailableList) : res (bool * AvailableList) :=
  found ← find_equal sa (addresses l);
  if found : bool then Ok (false, l)
  else
    a ← sa_inet_union_from_sa sa;
    _ ← ub_when (valid && (m_capacity l <=? size l));
    Ok (true, with_addresses l (addresses l ++ [a])).

Section host.
Context `{ByteOrder}.

(** [std::set_difference] of two sorted lists. *)
Fixpoint set_difference (less : sockaddr -> sockaddr -> res bool) (fuel : nat) (l k : list sockaddr)
    : res (list sockaddr) :=
  match fuel with
  | O => UB
  | S fuel =>
      match l, k with
      | [], _ => Ok []
      | _, [] => Ok l
      | a :: l', b :: k' =>
          lt ← less a b;
          if lt : bool then r ← set_difference less fuel l' k; Ok (a :: r)
          else
            gt ← less b a;
            if gt : bool then set_difference less fuel l k' else set_difference less fuel l' k'
      end
  end.

(** The list and the sorted source. *)
Definition insert (source : AddressList) (l : AvailableList) : res (AddressList * AvailableList) :=
  if negb (want_more l) then Ok (source, l)
  else
    source ← sort source;
    v ← sort (addresses l);
    difference ← set_difference sa_less (S (length source + length v)) source v;
    Ok (source, with_addresses l (v ++ difference)).

End host.

End AvailableList.

(** ** The peer list *)

Module PeerList.
Import SocketAddress SocketAddressKey AddressList PeerInfo AvailableList.

Definition address_available : Z := Z.shiftl 1 0.
Definition connect_incoming : Z := Z.shiftl 1 0.
Definition connect_keep_handshakes : Z := Z.shiftl 1 1.
Definition connect_filter_recent : Z := Z.shiftl 1 2.
Definition disconnect_available : Z := Z.shiftl 1 0.
Definition disconnect_set_time : Z := Z.shiftl 1 3.
Definition cull_old : Z := Z.shiftl 1 0.
Definition cull_keep_interesting : Z := Z.shiftl 1 1.

Definition flag_set (flags f : Z) : bool := negb (Z.land flags f =? 0).

(** The peers by pointer, the multimap of the list, and the addresses. *)
Record PeerList := mkPeerList {
  peers : gmap Z PeerInfo;
  entries : list (socket_address_key * Z);
  m_available_list : AvailableList
}.

Definition with_peer (l : PeerList) (p : Z) (i : PeerInfo) : PeerList :=
  mkPeerList (<[p := i]> (peers l)) (entries l) (m_available_list l).
Definition with_available (l : PeerList) (a : AvailableList) : PeerList :=
  mkPeerList (peers l) (entries l) a.

Definition peer (l : PeerList) (p : Z) : res PeerInfo := of_deref (peers l !! p).
Definition update_peer (p : Z) (f : PeerInfo -> PeerInfo) (l : PeerList) : res PeerList :=
  i ← peer l p; Ok (with_peer l p (f i)).

Section host.
Context `{ByteOrder}.

(** [equal_range]: the entries before, in and after the range. *)
Definition before (k : socket_address_key) (es : list (socket_address_key * Z)) : list (socket_address_key * Z) :=
  fst (find_split (fun e => negb (key_less (fst e) k)) es).
Definition from (k : socket_address_key) (es : list (socket_address_key * Z)) : list (socket_address_key * Z) :=
  snd (find_split (fun e => negb (key_less (fst e) k)) es).
Definition range (k : socket_address_key) (es : list (socket_address_key * Z)) : list (socket_address_key * Z) :=
  fst (find_split (fun e => key_less k (fst e)) (from k es)).
Definition after (k : socket_address_key) (es : list (socket_address_key * Z)) : list (socket_address_key * Z) :=
  snd (find_split (fun e => key_less k (fst e)) (from k es)).

(** A new [PeerInfo] at the end of its range; its pointer is one not in use. *)
Definition insert_entry (k : socket_address_key) (p : Z) (i : PeerInfo) (l : PeerList) : PeerList :=
  mkPeerList (<[p := i]> (peers l))
    (before k (entries l) ++ range k (entries l) ++ (k, p) :: after k (entries l)) (m_available_list l).

(** The value the table of IPv4 ranges has for an address; 0 when it has none. *)
Definition filter_of (ipv4_table : Extents.table) (s : sockaddr_in) : res Z :=
  d ← Extents.defined (ntohl (sin_addr s)) (ntohl (sin_addr s)) ipv4_table;
  if d : bool then Extents.at_ (ntohl (sin_addr s)) (ntohl (sin_addr s)) ipv4_table else Ok 0.

Definition insert_address (ipv4_table : Extents.table) (fresh : Z) (sa : sockaddr) (flags : Z) (l : PeerList)
    : res (option Z * PeerList) :=
  let sock_key := from_sockaddr (Some sa) in
  if SocketAddressKey.is_valid sock_key && negb (is_comparable_sockaddr (Some sa)) then Ok (None, l)
  else
    _ ← throw_when (negb (valid_family sa)) internal_error;
    match range sock_key (entries l) with
    | _ :: _ => Ok (None, l)
    | [] =>
        let i := set_listen_port (new_peer_info sa) (sa_port (Some sa)) in
        i ← (match sa with
             | AF_INET s =>
                 v ← filter_of ipv4_table s;
                 Ok (set_flags i (Z.land v mask_ip_table))
             | AF_INET6 _ => Ok i
             | _ => Throw internal_error
             end);
        a ← (if flag_set flags address_available && negb (m_listenPort i =? 0) then
               '(_, a) ← insert_unique false sa (m_available_list l); Ok a
             else Ok (m_available_list l));
        Ok (Some fresh, insert_entry sock_key fresh i (with_available l a))
    end.

(** [std::find_if] for an address that is less, as the distance. *)
Fixpoint find_less (addr : sockaddr) (v : list sockaddr) : res nat :=
  match v with
  | [] => Ok 0%nat
  | a :: v => lt ← sa_less_addr a addr; if lt : bool then Ok 0%nat else n ← find_less addr v; Ok (S n)
  end.

(** The sum is a [uint32_t]. *)
Definition recent_handshake (now : Z) (i : PeerInfo) : bool := u32 now <? u32 (m_lastHandshake i + 600).

(** The loop of [insert_available]; [avail_itr] and [avail_last] are positions
    in the vector and [last] is the address list's rest. *)
Fixpoint available_loop (now : Z) (al : AddressList) (avail_itr avail_last : nat) (inserted : Z)
    (l : PeerList) : res (Z * PeerList) :=
  match al with
  | [] => Ok (inserted, l)
  | addr :: al =>
      let av := m_available_list l in
      if negb (AvailableList.size av <? m_maxSize av) then Ok (inserted, l)
      else
        _ ← throw_when (negb (valid_family addr)) internal_error;
        if negb (is_comparable_sockaddr (Some addr)) || (sa_port (Some addr) =? 0) then
          available_loop now al avail_itr avail_last inserted l
        else
        n ← find_less addr (take (avail_last - avail_itr) (drop avail_itr (addresses av)));
        let avail_itr := (avail_itr + n)%nat in
        known ←
          (if bool_decide (avail_itr = avail_last) then Ok false
           else a ← of_deref (addresses av !! avail_itr); lt ← sa_less_addr a addr; Ok (negb lt));
        if known : bool then available_loop now al avail_itr avail_last inserted l
        else
          '(unwanted, l) ←
            (match range (from_sockaddr (Some addr)) (entries l) with
             | [] => Ok (false, l)
             | (_, p) :: _ =>
                 i ← peer l p;
                 i ← (if m_listenPort i =? 0 then set_port i (sa_port (Some addr)) else Ok i);
                 let unwanted := match m_connection i with Some _ => true | None => recent_handshake now i end in
                 Ok (unwanted, with_peer l p i)
             end);
          if unwanted : bool then available_loop now al avail_itr avail_last inserted l
          else
            '(_, av) ← insert_unique true addr (m_available_list l);
            available_loop now al avail_itr avail_last (u32 (inserted + 1)) (with_available l av)
  end.

Definition insert_available (now : Z) (al : AddressList) (l : PeerList) : res (Z * PeerList) :=
  let av := m_available_list l in
  if m_maxSize av <=? AvailableList.size av then Ok (0, l)
  else
    let remaining := m_maxSize av - AvailableList.size av in
    let av := reserve av (AvailableList.size av + Z.min remaining (zlen al)) in
    available_loop now al 0 (length (addresses av)) 0 (with_available l av).

Definition insert_pex_list (now : Z) (pex_list : bytes) (l : PeerList) : res (Z * PeerList) :=
  match pex_list with
  | [] => Ok (1, l)
  | _ =>
      al ← sort_and_unique (parse_address_compact [] pex_list);
      insert_available now al l
  end.

Definition connected (ipv4_table : Extents.table) (now fresh : Z) (sa : sockaddr) (flags : Z) (l : PeerList)
    : res (option Z * PeerList) :=
  let sock_key := from_sockaddr (Some sa) in
  let port := sa_port (Some sa) in
  _ ← throw_when (negb (valid_family sa)) internal_error;
  if negb (SocketAddressKey.is_valid sock_key) || negb (is_comparable_sockaddr (Some sa)) then Ok (None, l)
  else
    filter_value ←
      (match sa with
       | AF_INET s => filter_of ipv4_table s
       | AF_INET6 _ => Ok 0
       | _ => Throw internal_error
       end);
    if flag_set filter_value flag_unwanted then Ok (None, l)
    else
      let create := insert_entry sock_key fresh
                      (set_flags (new_peer_info sa) (Z.land filter_value mask_ip_table)) l in
      '(p, l) ←
        (match range sock_key (entries l) with
         | [] => Ok (fresh, create)
         | (_, q) :: _ =>
             i ← peer l q;
             if is_connected i then Ok (fresh, create)
             else i ← set_port i port; Ok (q, with_peer l q i)
         end);
      i ← peer l p;
      if flag_set flags connect_filter_recent && recent_handshake now i then Ok (None, l)
      else
        let i := set_last_handshake (set_flags i flag_connected) (u32 now) in
        let i := if flag_set flags connect_incoming then set_flags i flag_incoming
                 else set_listen_port (unset_flags i flag_incoming) port in
        Ok (Some p, with_peer l p i).

(** [disconnected] with the entry that was found. *)
Definition disconnected_at (now p flags : Z) (l : PeerList) : res PeerList :=
  i ← peer l p;
  _ ← throw_when (negb (is_connected i)) internal_error;
  i ← set_port (unset_flags i flag_connected) 0;
  let i := if flag_set flags disconnect_set_time then set_last_connection i (u32 now) else i in
  av ← (if flag_set flags disconnect_available && negb (m_listenPort i =? 0) then
          '(_, av) ← insert_unique false (m_address i) (m_available_list l); Ok av
        else Ok (m_available_list l));
  Ok (with_available (with_peer l p i) av).

Definition disconnected (now p flags : Z) (l : PeerList) : res PeerList :=
  i ← peer l p;
  let r := range (from_sockaddr (Some (m_address i))) (entries l) in
  _ ← throw_when (negb (existsb (fun e => snd e =? p) r)) internal_error;
  disconnected_at now p flags l.

Definition keep_peer (timer flags : Z) (i : PeerInfo) : bool :=
  is_connected i || negb (m_transferCounter i =? 0) || (timer <=? m_lastConnection i) ||
  (flag_set flags cull_keep_interesting && (negb (m_failedCounter i =? 0) || is_blocked i)).

(** The destructor asserts that the peer is not blocked. *)
Fixpoint cull_loop (timer flags : Z) (es : list (socket_address_key * Z)) (l : PeerList) (counter : Z)
    : res (list (socket_address_key * Z) * PeerList * Z) :=
  match es with
  | [] => Ok ([], l, counter)
  | (k, p) :: es =>
      i ← peer l p;
      if keep_peer timer flags i then
        '(es, l, counter) ← cull_loop timer flags es l counter; Ok ((k, p) :: es, l, counter)
      else
        _ ← ub_when (is_blocked i);
        cull_loop timer flags es (mkPeerList (delete p (peers l)) (entries l) (m_available_list l))
          (u32 (counter + 1))
  end.

Definition cull_peers (now flags : Z) (l : PeerList) : res (Z * PeerList) :=
  let timer := if flag_set flags cull_old then u32 (now - 24 * 60 * 60) else 0 in
  '(es, l, counter) ← cull_loop timer flags (entries l) l 0;
  Ok (counter, mkPeerList (peers l) es (m_available_list l)).

End host.

(** ** Invariant *)

Section facts.
Context `{ByteOrder}.

(** Keys in order. *)
Lemma key_memory_inj a b : key_memory (from_sockaddr a) = key_memory (from_sockaddr b) ->
  from_sockaddr a = from_sockaddr b.
Proof.
  unfold key_memory. intros He. apply app_inj_1 in He as [H1 H2]; [|by rewrite !store_length].
  assert (Hf : m_family (from_sockaddr a) = m_family (from_sockaddr b)).
  { apply (store_int_inj 2) in H1; [done|..]; destruct a as [[]|], b as [[]|]; vm_compute; split; congruence. }
  destruct (from_sockaddr a), (from_sockaddr b). cbn in *. by subst.
Qed.

Definition key_le (k l : socket_address_key) : Prop := key_less l k = false.

Lemma key_le_refl k : key_le k k.
Proof. apply str_lt_irrefl. Qed.

Lemma key_le_trans k l m : key_le k l -> key_le l m -> key_le k m.
Proof.
  unfold key_le, key_less. intros H1 H2. destruct (str_lt (key_memory m) (key_memory k)) eqn:E; [|done].
  destruct (decide (key_memory k = key_memory l)) as [He|He]; [rewrite He in E; congruence|].
  pose proof (str_lt_total (key_memory l) (key_memory k) (not_eq_sym He) H1) as H3.
  rewrite (str_lt_trans _ _ _ E H3) in H2. done.
Qed.

Lemma key_lt_le k l : key_less k l = true -> key_le k l.
Proof.
  unfold key_le, key_less. intros H1. destruct (str_lt (key_memory l) (key_memory k)) eqn:E; [|done].
  pose proof (str_lt_trans _ _ _ H1 E) as Hb. by rewrite str_lt_irrefl in Hb.
Qed.

Definition in_order (es : list (socket_address_key * Z)) : Prop :=
  StronglySorted (fun e f => key_le (fst e) (fst f)) es.

(** The parts of the list around a key. *)
Lemma split_key k es : es = before k es ++ range k es ++ after k es.
Proof.
  unfold before, range, after, from. rewrite (find_split_app (fun e => key_less k e.1)).
  by rewrite (find_split_app (fun e => negb (key_less e.1 k))).
Qed.

Lemma in_order_app es fs : in_order (es ++ fs) <->
  in_order es /\ in_order fs /\ (forall e f, e ∈ es -> f ∈ fs -> key_le (fst e) (fst f)).
Proof.
  unfold in_order. induction es as [|e es IH]; simpl.
  - split; [intros Hs; split_and!; [constructor|done|intros ? ? ?%elem_of_nil; done]|by intros (_ & ? & _)].
  - split.
    + intros [Hs Hf]%StronglySorted_inv. apply IH in Hs as (H1 & H2 & H3). apply Forall_app in Hf as [F1 F2].
      split_and!; [by constructor|done|]. intros x y [->|Hx]%elem_of_cons Hy; [|by apply H3].
      rewrite Forall_forall in F2. by apply F2.
    + intros ([H1 F1]%StronglySorted_inv & H2 & H3). constructor.
      * apply IH. split_and!; [done|done|]. intros x y Hx. apply H3. by right.
      * apply Forall_app. split; [done|]. apply Forall_forall. intros y Hy. apply H3; [left|done].
Qed.

Lemma after_above k es e : in_order es -> e ∈ after k es -> key_less k (fst e) = true.
Proof.
  intros Hs He. rewrite (split_key k es) in Hs. apply in_order_app in Hs as (_ & Hs & _).
  apply in_order_app in Hs as (_ & Hs & _). unfold after in *.
  destruct (snd (find_split (fun e => key_less k e.1) (from k es))) as [|f fs] eqn:E; [by apply elem_of_nil in He|].
  pose proof (find_split_post _ _ _ _ E) as Hf. cbv beta in Hf.
  apply elem_of_cons in He as [->|He]; [done|]. apply StronglySorted_inv in Hs as [_ Hs].
  rewrite Forall_forall in Hs. specialize (Hs e He). unfold key_le, key_less in *.
  destruct (decide (key_memory (fst f) = key_memory (fst e))) as [Hk|Hk]; [by rewrite <- Hk|].
  pose proof (str_lt_total (key_memory (fst e)) (key_memory (fst f)) (not_eq_sym Hk) Hs) as Hlt.
  by apply (str_lt_trans _ (key_memory (fst f))).
Qed.

Lemma before_below k es e : e ∈ before k es -> key_less (fst e) k = true.
Proof.
  intros He. pose proof (find_split_pre (fun e => negb (key_less e.1 k)) es) as Hp.
  rewrite Forall_forall in Hp. specialize (Hp e He). cbv beta in Hp. by apply negb_false_iff in Hp.
Qed.

Lemma range_around k es e : in_order es -> e ∈ range k es -> key_le (fst e) k /\ key_le k (fst e).
Proof.
  intros Hs He. split.
  - pose proof (find_split_pre (fun e => key_less k e.1) (from k es)) as Hp.
    rewrite Forall_forall in Hp. by specialize (Hp e He).
  - unfold range, from in He. assert (Hs' : in_order (from k es)).
    { rewrite <- (find_split_app (fun e => negb (key_less e.1 k)) es) in Hs. by apply in_order_app in Hs as (_ & ? & _). }
    unfold from in *. destruct (snd (find_split (fun e => negb (key_less e.1 k)) es)) as [|f fs] eqn:E;
      [by apply elem_of_nil in He|].
    pose proof (find_split_post _ _ _ _ E) as Hf. cbv beta in Hf. apply negb_true_iff in Hf.
    assert (He' : e ∈ f :: fs).
    { rewrite <- (find_split_app (fun e => key_less k e.1) (f :: fs)). apply elem_of_app. by left. }
    apply elem_of_cons in He' as [->|He']; [done|]. apply StronglySorted_inv in Hs' as [_ Hs'].
    rewrite Forall_forall in Hs'. by apply (key_le_trans _ (fst f)), Hs'.
Qed.

(** Every entry of a key is in its range. *)
Lemma in_range k p es : in_order es -> (k, p) ∈ es -> (k, p) ∈ range k es.
Proof.
  intros Hs He. rewrite (split_key k es) in He. apply elem_of_app in He as [He|He].
  - apply before_below in He. cbn [fst] in He. unfold key_less in He. by rewrite str_lt_irrefl in He.
  - apply elem_of_app in He as [He|He]; [done|]. apply after_above in He; [|done]. cbn [fst] in He.
    unfold key_less in He. by rewrite str_lt_irrefl in He.
Qed.

Lemma range_elem k es e : e ∈ range k es -> e ∈ es.
Proof. intros He. rewrite (split_key k es). apply elem_of_app. right. apply elem_of_app. by left. Qed.

Lemma insert_in_order k p es : in_order es ->
  in_order (before k es ++ range k es ++ (k, p) :: after k es).
Proof.
  intros Hs. pose proof Hs as Hs0. rewrite (split_key k es) in Hs.
  apply in_order_app in Hs as (H1 & Hs & H3). apply in_order_app in Hs as (H4 & H5 & H6).
  apply in_order_app. split_and!; [done| |].
  - apply in_order_app. split_and!; [done| |].
    + constructor; [done|]. apply Forall_forall. intros e He. by apply key_lt_le, (after_above k es).
    + intros e f He [->|Hf]%elem_of_cons; [by apply (range_around k es)|by apply H6].
  - intros e f He Hf. apply elem_of_app in Hf as [Hf|Hf].
    + apply H3; [done|]. apply elem_of_app. by left.
    + apply elem_of_cons in Hf as [->|Hf]; [by apply key_lt_le, (before_below k es)|].
      apply H3; [done|]. apply elem_of_app. by right.
Qed.

(** Distinct addresses of the two families, with room in the vector. *)
Definition available_ok (a : AvailableList) : Prop :=
  Forall is_inet (addresses a) /\ NoDup (sa_bytes <$> addresses a) /\ AvailableList.size a <= m_capacity a.

(** The list is in the order of its keys, every entry is a peer with an
    address of its key, and no peer has two entries. *)
Record list_ok (l : PeerList) : Prop := {
  lo_order : in_order (entries l);
  lo_unique : NoDup (snd <$> entries l);
  lo_peers : forall k p, (k, p) ∈ entries l -> exists i, peers l !! p = Some i /\
    is_inet (m_address i) /\ k = from_sockaddr (Some (m_address i));
  lo_known : forall p, is_Some (peers l !! p) -> p ∈ snd <$> entries l;
  lo_available : available_ok (m_available_list l)
}.

Lemma find_equal_spec sa v : is_inet sa -> Forall is_inet v ->
  find_equal sa v = Ok (bool_decide (sa_bytes sa ∈ sa_bytes <$> v)).
Proof.
  intros Hs. induction 1 as [|a v Ha _ IH]; cbn [find_equal].
  - by rewrite bool_decide_eq_false_2 by apply not_elem_of_nil.
  - rewrite sa_equal_bytes by done. res_simpl. rewrite fmap_cons.
    destruct (bool_decide_reflect (sa_bytes a = sa_bytes sa)) as [He|He].
    + by rewrite bool_decide_eq_true_2 by (rewrite He; left).
    + rewrite IH. f_equal. apply bool_decide_ext. rewrite elem_of_cons. split; [by right|].
      intros [|]; [congruence|done].
Qed.

(** An address is added unless it is there already. *)
Lemma insert_unique_ok valid sa a : is_inet sa -> available_ok a ->
  (valid = true -> AvailableList.size a < m_capacity a) ->
  exists b a', insert_unique valid sa a = Ok (b, a') /\ available_ok a' /\ m_maxSize a' = m_maxSize a /\
    m_capacity a <= m_capacity a' /\ (valid = true -> m_capacity a' = m_capacity a) /\
    addresses a' = (if b then addresses a ++ [sa] else addresses a) /\
    b = negb (bool_decide (sa_bytes sa ∈ sa_bytes <$> addresses a)).
Proof.
  intros Hs (Hi & Hn & Hc) Hv. unfold insert_unique. rewrite find_equal_spec by done. res_simpl.
  case_bool_decide as He.
  - exists false, a. by repeat split.
  - assert (Hu : sa_inet_union_from_sa sa = Ok sa) by by destruct sa. rewrite Hu. res_simpl.
    assert (Hg : (valid && (m_capacity a <=? AvailableList.size a)) = false).
    { destruct valid; [|done]. apply Z.leb_gt. by apply Hv. }
    rewrite Hg. res_simpl. exists true. eexists. split; [done|]. unfold with_addresses, AvailableList.size in *.
    cbn [addresses m_capacity m_maxSize]. assert (Hz : zlen (addresses a ++ [sa]) = zlen (addresses a) + 1)
      by (unfold zlen; rewrite length_app; simpl; lia).
    split; [|split; [done|split; [lia|split; [|done]]]].
    + split; [|split].
      * cbn [addresses]. apply Forall_app. split; [done|]. by constructor.
      * cbn [addresses]. rewrite fmap_app. apply NoDup_app. split; [done|]. split; [|apply NoDup_singleton].
        intros x Hx Hx2. apply list_elem_of_singleton in Hx2. by subst.
      * unfold AvailableList.size. cbn [addresses m_capacity]. lia.
    + intros ->. specialize (Hv eq_refl). lia.
Qed.

Lemma sa_set_port_ok a port : is_inet a -> exists a', sa_set_port a port = Ok a' /\ is_inet a' /\
  from_sockaddr (Some a') = from_sockaddr (Some a).
Proof.
  intros Ha. destruct a as [|s|s| |]; try done; cbn [sa_set_port].
  - eexists. split; [done|]. split; [|done]. destruct Ha as [H1 _]. split; [done|]. cbn. apply htons_range.
  - eexists. split; [done|]. split; [|done]. destruct Ha as (H1 & H2 & _). split; [done|]. split; [done|].
    cbn. apply htons_range.
Qed.

(** Changing a peer in place, its key apart. *)
Lemma with_peer_ok l p i i' : list_ok l -> peers l !! p = Some i -> is_inet (m_address i') ->
  from_sockaddr (Some (m_address i')) = from_sockaddr (Some (m_address i)) -> list_ok (with_peer l p i').
Proof.
  intros [H1 H2 H3 H4 H5] Hp Hi Hk. split; unfold with_peer; cbn [entries peers m_available_list]; try done.
  - intros k q Hq. destruct (H3 k q Hq) as (j & Hj & Hji & ->). destruct (decide (q = p)) as [->|Hne].
    + rewrite lookup_insert_eq. exists i'. split; [done|]. split; [done|]. congruence.
    + rewrite lookup_insert_ne by done. eauto.
  - intros q Hq. apply H4. destruct (decide (q = p)) as [->|Hne]; [by rewrite Hp|].
    by rewrite lookup_insert_ne in Hq by done.
Qed.

Lemma with_available_ok l a : list_ok l -> available_ok a -> list_ok (with_available l a).
Proof. intros [H1 H2 H3 H4 H5] Ha. by split. Qed.

Lemma insert_peer_entry_ok l p i : list_ok l -> peers l !! p = None -> is_inet (m_address i) ->
  list_ok (insert_entry (from_sockaddr (Some (m_address i))) p i l).
Proof.
  intros [H1 H2 H3 H4 H5] Hp Hi. set (k := from_sockaddr _).
  assert (Hperm : before k (entries l) ++ range k (entries l) ++ (k, p) :: after k (entries l) ≡ₚ (k, p) :: entries l).
  { rewrite (split_key k (entries l)) at 4. by rewrite !app_assoc, <- Permutation_middle. }
  assert (Hnew : p ∉ snd <$> entries l).
  { intros (e & He & Hin)%list_elem_of_fmap. destruct e as [k' p']. cbn in He. subst p'.
    destruct (H3 k' p Hin) as (j & Hj & _). congruence. }
  split; unfold insert_entry; cbn [entries peers m_available_list].
  - by apply insert_in_order.
  - rewrite Hperm. rewrite fmap_cons. by constructor.
  - intros k' q. rewrite Hperm. intros [[= -> ->]|Hq]%elem_of_cons.
    + rewrite lookup_insert_eq. by exists i.
    + rewrite lookup_insert_ne; [by apply H3|]. intros ->. apply Hnew, list_elem_of_fmap. by exists (k', q).
  - intros q Hq. rewrite Hperm, fmap_cons. destruct (decide (q = p)) as [->|Hne]; [left|].
    right. apply H4. by rewrite lookup_insert_ne in Hq by done.
  - done.
Qed.

Lemma sa_less_addr_ok a b : is_inet a -> is_inet b -> exists r, sa_less_addr a b = Ok r.
Proof. intros Ha Hb. destruct a, b; try done; unfold sa_less_addr; res_simpl; cbn; eauto. Qed.

Lemma find_less_ok addr v : is_inet addr -> Forall is_inet v ->
  exists n, find_less addr v = Ok n /\ (n <= length v)%nat /\
    ((n < length v)%nat -> exists a, v !! n = Some a /\ sa_less_addr a addr = Ok true).
Proof.
  intros Hs. induction 1 as [|a v Ha _ IH]; cbn [find_less].
  - exists 0%nat. split; [done|]. split; [done|]. simpl. lia.
  - destruct (sa_less_addr_ok a addr Ha Hs) as [r Hr]. rewrite Hr. res_simpl. destruct r.
    + exists 0%nat. split; [done|]. split; [simpl; lia|]. intros _. by exists a.
    + destruct IH as (n & -> & Hn & Hat). exists (S n). split; [done|]. split; [simpl; lia|].
      simpl. intros Hlt. apply Hat. lia.
Qed.

(** The search stops at an address that is less, so the test that follows it,
    meant to recognise an address that is in the list already, never holds. *)
Lemma never_known addr v itr last : is_inet addr -> Forall is_inet v -> (itr <= last)%nat -> (last <= length v)%nat ->
  exists n, find_less addr (take (last - itr) (drop itr v)) = Ok n /\ (itr + n <= last)%nat /\
    (if bool_decide ((itr + n)%nat = last) then Ok false
     else a ← of_deref (v !! (itr + n)%nat); lt ← sa_less_addr a addr; Ok (negb lt)) = Ok false.
Proof.
  intros Hs Hv Hi Hl. destruct (find_less_ok addr (take (last - itr) (drop itr v))) as (n & Hn & Hle & Hat).
  - done.
  - by apply Forall_take, Forall_drop.
  - rewrite length_take, length_drop in Hle, Hat. exists n. split; [done|]. split; [lia|].
    case_bool_decide as He; [done|]. destruct Hat as (a & Ha & Hlt); [lia|].
    rewrite lookup_take, lookup_drop in Ha. destruct (decide (n < last - itr)%nat); [|done].
    rewrite Ha. res_simpl. rewrite Hlt. done.
Qed.

Definition listable (a : sockaddr) : Prop := is_inet a \/ a = AF_UNSPEC.

Lemma range_head_peer l k q p es : list_ok l -> range k (entries l) = (q, p) :: es ->
  exists i, peers l !! p = Some i /\ is_inet (m_address i).
Proof.
  intros Hl Hr. assert (He : (q, p) ∈ entries l) by (apply (range_elem k); rewrite Hr; left).
  destruct (lo_peers l Hl q p He) as (i & Hi & Hin & _). eauto.
Qed.

Lemma available_loop_ok now al itr last inserted l : list_ok l -> Forall listable al ->
  (itr <= last)%nat -> (last <= length (addresses (m_available_list l)))%nat ->
  AvailableList.size (m_available_list l) <= m_maxSize (m_available_list l) ->
  AvailableList.size (m_available_list l) +
    Z.min (m_maxSize (m_available_list l) - AvailableList.size (m_available_list l)) (zlen al)
    <= m_capacity (m_available_list l) ->
  exists n l', available_loop now al itr last inserted l = Ok (n, l') /\ list_ok l' /\ entries l' = entries l /\
    m_maxSize (m_available_list l') = m_maxSize (m_available_list l) /\
    AvailableList.size (m_available_list l') <= m_maxSize (m_available_list l) /\
    (exists new, addresses (m_available_list l') = addresses (m_available_list l) ++ new /\
      Forall (fun a => a ∈ al /\ is_inet a /\ sa_port (Some a) <> 0) new).
Proof.
  revert itr inserted l. induction al as [|addr al IH]; intros itr inserted l Hl Hal Hi Hla Hm Hc.
  { exists inserted, l. cbn [available_loop]. split_and!; try done. exists []. by rewrite app_nil_r. }
  apply Forall_cons in Hal as [Ha Hal]. cbn [available_loop].
  destruct (AvailableList.size (m_available_list l) <? m_maxSize (m_available_list l)) eqn:Es; cbn [negb];
    [|exists inserted, l; split_and!; try done; exists []; by rewrite app_nil_r].
  bool_prop. assert (Hf : valid_family addr = true) by (destruct Ha as [Ha| ->]; [by destruct addr|done]).
  rewrite Hf. res_simpl. unfold zlen in Hc. cbn [length] in Hc. pose proof (zlen_nonneg al) as Hz0.
  assert (Hskip : forall itr l', list_ok l' -> entries l' = entries l -> (itr <= last)%nat ->
    m_available_list l' = m_available_list l ->
    exists n l'', available_loop now al itr last inserted l' = Ok (n, l'') /\ list_ok l'' /\ entries l'' = entries l /\
    m_maxSize (m_available_list l'') = m_maxSize (m_available_list l) /\
    AvailableList.size (m_available_list l'') <= m_maxSize (m_available_list l) /\
    (exists new, addresses (m_available_list l'') = addresses (m_available_list l) ++ new /\
      Forall (fun a => a ∈ addr :: al /\ is_inet a /\ sa_port (Some a) <> 0) new)).
  { intros itr' l' H1 H2 H3 H4. destruct (IH itr' inserted l') as (n & l'' & E & G1 & G2 & G3 & G4 & new & G5 & G6);
      rewrite ?H4; try done; [unfold zlen; lia|].
    rewrite H4 in *. exists n, l''. split_and!; try done; [congruence|]. exists new. split; [done|].
    eapply Forall_impl; [exact G6|]. intros a (B1 & B2). split; [by right|done]. }
  destruct (negb (is_comparable_sockaddr (Some addr)) || (sa_port (Some addr) =? 0)) eqn:Eb; [by apply Hskip|].
  apply orb_false_iff in Eb as [Eb1 Eb2]. bool_prop.
  assert (Hin : is_inet addr) by (destruct Ha as [Ha| ->]; done).
  destruct (lo_available l Hl) as (Hai & Han & Hac).
  destruct (never_known addr (addresses (m_available_list l)) itr last Hin Hai Hi Hla) as (n & -> & Hn & Hk).
  res_simpl. rewrite Hk. res_simpl.
  (* the peer of the address, if there is one *)
  assert (Hpeer : exists u l', (match range (from_sockaddr (Some addr)) (entries l) with
    | [] => Ok (false, l)
    | (_, p) :: _ =>
        i ← peer l p;
        i ← (if m_listenPort i =? 0 then set_port i (sa_port (Some addr)) else Ok i);
        Ok (match m_connection i with Some _ => true | None => recent_handshake now i end, with_peer l p i)
    end) = Ok (u, l') /\ list_ok l' /\ entries l' = entries l /\ m_available_list l' = m_available_list l).
  { destruct (range (from_sockaddr (Some addr)) (entries l)) as [|[q p] es] eqn:Er; [by exists false, l|].
    destruct (range_head_peer l _ q p es Hl Er) as (i & Hp & Hpi). unfold peer. rewrite Hp. res_simpl.
    destruct (m_listenPort i =? 0).
    - unfold set_port. destruct (sa_set_port_ok (m_address i) (sa_port (Some addr)) Hpi) as (a' & -> & Ha' & Hka).
      res_simpl. eexists. eexists. split; [done|]. split; [|done]. by apply (with_peer_ok l p i).
    - eexists. eexists. split; [done|]. split; [|done]. by apply (with_peer_ok l p i). }
  destruct Hpeer as (u & l' & Eu & Hl' & He' & Hav'). cbv zeta in Eu. cbv zeta. rewrite Eu. res_simpl.
  destruct u; [by apply Hskip|].
  destruct (insert_unique_ok true addr (m_available_list l') Hin (lo_available l' Hl')) as
    (b & av & E1 & E2 & E3 & E4 & E5 & E6 & E7).
  { intros _. rewrite Hav'. unfold zlen in *. lia. }
  rewrite E1. res_simpl. rewrite Hav' in *. specialize (E5 eq_refl).
  assert (Hsz : AvailableList.size (m_available_list l) <= AvailableList.size av <= AvailableList.size (m_available_list l) + 1).
  { unfold AvailableList.size, zlen. rewrite E6. destruct b; [rewrite length_app; simpl|]; lia. }
  destruct (IH (itr + n)%nat (u32 (inserted + 1)) (with_available l' av)) as
    (k & l'' & G0 & G1 & G2 & G3 & G4 & new & G5 & G6); cbn [with_available m_available_list entries];
    try done; [by apply with_available_ok|rewrite E6; destruct b; [rewrite length_app|]; lia|lia| |].
  { rewrite E3, E5. unfold zlen in *. lia. }
  exists k, l''. cbn [with_available m_available_list entries] in *. rewrite E3 in *.
  split_and!; try done; [congruence|]. rewrite G5, E6.
  assert (Hnew : Forall (fun a => a ∈ addr :: al /\ is_inet a /\ sa_port (Some a) <> 0) new).
  { eapply Forall_impl; [exact G6|]. intros a (B1 & B2). split; [by right|done]. }
  destruct b; [|by exists new]. exists (addr :: new). rewrite <- app_assoc. split; [done|].
  constructor; [|done]. split; [left|done].
Qed.

(** The address is looked up in the table of IPv4 ranges, and no range of the
    table starts above it. *)
Definition past_last (t : Extents.table) (sa : sockaddr) : Prop :=
  match sa with AF_INET s => Forall (fun e => fst e <= ntohl (sin_addr s)) t | _ => False end.

Lemma filter_answers t s : ~ past_last t (AF_INET s) -> exists v, filter_of t s = Ok v.
Proof.
  intros Hn. assert (Hex : Exists (fun e => ntohl (sin_addr s) < fst e) t).
  { apply not_Forall_Exists in Hn; [|apply _]. eapply Exists_impl; [exact Hn|]. cbn. intros e He. lia. }
  destruct (ExtentsFacts.lookup_answers _ t Hex) as (b & E & Hb). unfold filter_of. rewrite E. res_simpl.
  destruct b; [by apply Hb|by exists 0].
Qed.

Lemma filter_runs_off t s : past_last t (AF_INET s) -> filter_of t s = UB.
Proof. intros Hp. unfold filter_of. by rewrite (ExtentsFacts.lookup_past_last _ t Hp). Qed.

(** The value of the table for an address; IPv6 addresses have none. *)
Definition filter_value (t : Extents.table) (sa : sockaddr) : res Z :=
  match sa with AF_INET s => filter_of t s | _ => Ok 0 end.

Lemma connected_flags i port now incoming :
  let j := set_last_handshake (set_flags i flag_connected) now in
  let j := if incoming : bool then set_flags j flag_incoming else set_listen_port (unset_flags j flag_incoming) port in
  is_connected j = true /\ is_incoming j = incoming /\ m_address j = m_address i /\ m_lastHandshake j = now.
Proof.
  cbv zeta. unfold is_connected, is_incoming. change flag_connected with (2 ^ 0). change flag_incoming with (2 ^ 1).
  destruct incoming.
  - rewrite !set_flag_bit by lia. split; [|done]. rewrite bool_decide_eq_false_2 by lia.
    cbn [orb]. change (has_flag (set_last_handshake (set_flags i (2 ^ 0)) now) (2 ^ 0))
      with (has_flag (set_flags i (2 ^ 0)) (2 ^ 0)). by rewrite set_flag_bit by lia.
  - set (j := unset_flags _ _).
    change (has_flag (set_listen_port j port) (2 ^ 0)) with (has_flag j (2 ^ 0)).
    change (has_flag (set_listen_port j port) (2 ^ 1)) with (has_flag j (2 ^ 1)). subst j.
    rewrite !unset_flag_bit by lia. split; [|done]. rewrite bool_decide_eq_false_2 by lia. cbn [negb andb].
    change (has_flag (set_last_handshake (set_flags i (2 ^ 0)) now) (2 ^ 0))
      with (has_flag (set_flags i (2 ^ 0)) (2 ^ 0)). by rewrite set_flag_bit by lia.
Qed.

(** C10: Asking for a peer to connect to, or for one that connected, from an
    IPv4 address above which no range of the address table starts (any such
    address while the table is empty) reads past the end of the table.  Every other call
    returns; a peer that is given was not connected, has the address asked for,
    is now connected in the direction asked for and remembers the time, and no
    other peer changes.  None is given only when the table has the address as
    unwanted, and then nothing changes, or when the caller asked not to repeat a
    recent handshake. *)
Theorem connected_gives_free_peer (t : Extents.table) (now fresh : Z) (sa : sockaddr) (flags : Z) (l : PeerList) :
  list_ok l -> is_inet sa -> peers l !! fresh = None ->
  (past_last t sa -> connected t now fresh sa flags l = UB) /\
  (~ past_last t sa -> exists r l', connected t now fresh sa flags l = Ok (r, l') /\ list_ok l' /\
    match r with
    | None => (exists v, filter_value t sa = Ok v /\ flag_set v flag_unwanted = true /\ l' = l) \/
        flag_set flags connect_filter_recent = true
    | Some p => exists i, peers l' !! p = Some i /\ is_connected i = true /\
        is_incoming i = flag_set flags connect_incoming /\
        from_sockaddr (Some (m_address i)) = from_sockaddr (Some sa) /\ m_lastHandshake i = u32 now /\
        match peers l !! p with Some j => is_connected j = false | None => p = fresh end /\
        forall q, q <> p -> peers l' !! q = peers l !! q
    end).
Proof.
  intros Hl Hs Hf. unfold connected.
  assert (Hv : valid_family sa = true) by by destruct sa. rewrite Hv. res_simpl.
  assert (Hk : SocketAddressKey.is_valid (from_sockaddr (Some sa)) = true) by by destruct sa. rewrite Hk.
  assert (Hc : is_comparable_sockaddr (Some sa) = true) by by destruct sa. rewrite Hc. cbn [negb orb].
  split; [intros Hp; destruct sa as [|s|s| |]; try done; by rewrite (filter_runs_off t s Hp)|]. intros Ht.
  assert (Hfv : exists v, match sa with AF_INET s => filter_of t s | AF_INET6 _ => Ok 0 | _ => Throw internal_error end = Ok v /\
    filter_value t sa = Ok v).
  { destruct sa as [|s|s| |]; [done|destruct (filter_answers t s Ht) as [v Hv']; by exists v|by exists 0|done|done]. }
  destruct Hfv as (v & -> & Hval). res_simpl. destruct (flag_set v flag_unwanted) eqn:Hunw.
  { exists None, l. split_and!; [done|done|]. left. by exists v. }
  set (new := set_flags (new_peer_info sa) (Z.land v mask_ip_table)).
  assert (Hnew : list_ok (insert_entry (from_sockaddr (Some sa)) fresh new l)) by (by apply (insert_peer_entry_ok l fresh new)).
  assert (Hchoose : exists p l1 i, match range (from_sockaddr (Some sa)) (entries l) with
      | [] => Ok (fresh, insert_entry (from_sockaddr (Some sa)) fresh new l)
      | (_, q) :: _ =>
          i ← peer l q;
          if is_connected i then Ok (fresh, insert_entry (from_sockaddr (Some sa)) fresh new l)
          else i ← set_port i (sa_port (Some sa)); Ok (q, with_peer l q i)
      end = Ok (p, l1) /\ list_ok l1 /\ peers l1 !! p = Some i /\ is_inet (m_address i) /\
      from_sockaddr (Some (m_address i)) = from_sockaddr (Some sa) /\
      match peers l !! p with Some j => is_connected j = false | None => p = fresh end /\
      (forall q, q <> p -> peers l1 !! q = peers l !! q)).
  { assert (Hfresh : list_ok (insert_entry (from_sockaddr (Some sa)) fresh new l) /\
      peers (insert_entry (from_sockaddr (Some sa)) fresh new l) !! fresh = Some new /\
      match peers l !! fresh with Some j => is_connected j = false | None => fresh = fresh end /\
      (forall q, q <> fresh -> peers (insert_entry (from_sockaddr (Some sa)) fresh new l) !! q = peers l !! q)).
    { unfold insert_entry; cbn [peers]. rewrite lookup_insert_eq, Hf. split_and!; try done.
      intros q Hq. by rewrite lookup_insert_ne by done. }
    destruct Hfresh as (F1 & F2 & F3 & F4).
    destruct (range (from_sockaddr (Some sa)) (entries l)) as [|[q p] es] eqn:Er.
    - exists fresh, (insert_entry (from_sockaddr (Some sa)) fresh new l), new. by split_and!.
    - destruct (range_head_peer l _ q p es Hl Er) as (i & Hp & Hpi). unfold peer. rewrite Hp. res_simpl.
      destruct (is_connected i) eqn:Ei.
      + exists fresh, (insert_entry (from_sockaddr (Some sa)) fresh new l), new. by split_and!.
      + unfold set_port. destruct (sa_set_port_ok (m_address i) (sa_port (Some sa)) Hpi) as (a' & -> & Ha' & Hka).
        res_simpl. exists p, (with_peer l p (set_address i a')), (set_address i a').
        assert (Hq : (q, p) ∈ range (from_sockaddr (Some sa)) (entries l)) by (rewrite Er; left).
        destruct (lo_peers l Hl q p (range_elem _ _ _ Hq)) as (j & Hj & _ & Hqk). rewrite Hp in Hj. simplify_eq.
        split_and!; try done; [by apply (with_peer_ok l p j)|by apply lookup_insert_eq| |by rewrite Hp|].
        * cbn [m_address set_address]. rewrite Hka.
          destruct (range_around _ _ _ (lo_order l Hl) Hq) as [K1 K2]. cbn [fst] in K1, K2.
          unfold key_le, key_less in K1, K2.
          destruct (decide (key_memory (from_sockaddr (Some (m_address j))) = key_memory (from_sockaddr (Some sa)))) as [Hm|Hm].
          -- by apply key_memory_inj.
          -- pose proof (str_lt_total _ _ Hm K2). congruence.
        * intros q' Hq'. unfold with_peer; cbn [peers]. by rewrite lookup_insert_ne by done. }
  cbv zeta. fold new. destruct Hchoose as (p & l1 & i & -> & Hl1 & Hi & Hii & Hik & Hfree & Hoth). res_simpl.
  unfold peer at 1. rewrite Hi. res_simpl.
  destruct (flag_set flags connect_filter_recent && recent_handshake now i) eqn:Hrec.
  { apply andb_true_iff in Hrec as [Hrec _]. exists None, l1. split_and!; [done|done|by right]. }
  pose proof (connected_flags i (sa_port (Some sa)) (u32 now) (flag_set flags connect_incoming)) as Hfl.
  cbv zeta in Hfl. set (i' := if flag_set flags connect_incoming then _ else _) in *.
  destruct Hfl as (G1 & G2 & G3 & G4).
  exists (Some p), (with_peer l1 p i'). split; [done|]. split.
  { apply (with_peer_ok l1 p i); [done..|by rewrite G3|by rewrite G3]. }
  exists i'. cbn [with_peer peers]. rewrite lookup_insert_eq. split_and!; try done; [congruence|].
  intros q Hq. rewrite lookup_insert_ne by done. by apply Hoth.
Qed.

Lemma disconnected_ok (now p flags : Z) (l : PeerList) (i : PeerInfo) :
  list_ok l -> peers l !! p = Some i -> is_connected i = true ->
  flag_set flags disconnect_available = false ->
  exists l' i', disconnected now p flags l = Ok l' /\ list_ok l' /\ peers l' !! p = Some i' /\
    is_connected i' = false /\ m_connection i' = m_connection i /\ from_sockaddr (Some (m_address i')) = from_sockaddr (Some (m_address i)) /\
    m_lastConnection i' = (if flag_set flags disconnect_set_time then u32 now else m_lastConnection i) /\
    m_available_list l' = m_available_list l /\ entries l' = entries l /\
    (forall q, q <> p -> peers l' !! q = peers l !! q).
Proof.
  intros Hl Hp Hc Hfl. unfold disconnected, peer. rewrite Hp. res_simpl.
  assert (Hin : (from_sockaddr (Some (m_address i)), p) ∈ entries l /\ is_inet (m_address i)).
  { pose proof (lo_known l Hl p ltac:(by rewrite Hp)) as ([k q] & Hq & He)%list_elem_of_fmap. cbn in Hq. subst q.
    destruct (lo_peers l Hl k p He) as (j & Hj & Hji & ->). rewrite Hp in Hj. by simplify_eq. }
  destruct Hin as [He Hin]. rewrite (proj2 (existsb_exists _ _)).
  2:{ exists (from_sockaddr (Some (m_address i)), p). split; [|by rewrite Z.eqb_refl].
      apply list_elem_of_In, in_range; [apply Hl|done]. }
  cbn [negb]. res_simpl. unfold disconnected_at, peer. rewrite Hp. res_simpl. rewrite Hc. cbn [negb]. res_simpl.
  unfold set_port. destruct (sa_set_port_ok (m_address i) 0 Hin) as (a' & Ea & Ha' & Hka).
  change (m_address (unset_flags i flag_connected)) with (m_address i). rewrite Ea. res_simpl. rewrite Hfl. cbn [andb]. res_simpl.
  set (i' := if flag_set flags disconnect_set_time then _ else _).
  assert (Hi' : m_address i' = a' /\ is_connected i' = false /\
    m_lastConnection i' = (if flag_set flags disconnect_set_time then u32 now else m_lastConnection i)).
  { subst i'. destruct (flag_set flags disconnect_set_time); (split; [done|]; split; [|done]);
      unfold is_connected; change flag_connected with (2 ^ 0).
    - change (has_flag (unset_flags i (2 ^ 0)) (2 ^ 0) = false). by rewrite unset_flag_bit by lia.
    - change (has_flag (unset_flags i (2 ^ 0)) (2 ^ 0) = false). by rewrite unset_flag_bit by lia. }
  destruct Hi' as (I1 & I2 & I3). eexists. exists i'. split; [done|].
  split. { apply with_available_ok; [|apply Hl]. apply (with_peer_ok l p i); rewrite ?I1; done. }
  cbn [with_available with_peer peers m_available_list entries]. rewrite lookup_insert_eq.
  split_and!; try done; [subst i'; by destruct (flag_set flags disconnect_set_time)|by rewrite I1|]. intros q Hq. by rewrite lookup_insert_ne by done.
Qed.

(** A peer that is connected can be disconnected: only its own record and the
    available addresses change, and it is free again. *)
Theorem disconnected_frees_peer (now p flags : Z) (l : PeerList) (i : PeerInfo) :
  list_ok l -> peers l !! p = Some i -> is_connected i = true ->
  flag_set flags disconnect_available = false ->
  exists l' i', disconnected now p flags l = Ok l' /\ list_ok l' /\ peers l' !! p = Some i' /\
    is_connected i' = false /\ from_sockaddr (Some (m_address i')) = from_sockaddr (Some (m_address i)) /\
    m_lastConnection i' = (if flag_set flags disconnect_set_time then u32 now else m_lastConnection i) /\
    m_available_list l' = m_available_list l /\ entries l' = entries l /\
    (forall q, q <> p -> peers l' !! q = peers l !! q).
Proof.
  intros Hl Hp Hc Hf. destruct (disconnected_ok now p flags l i Hl Hp Hc Hf) as (l' & i' & E & G).
  exists l', i'. intuition.
Qed.

Lemma insert_available_ok (now : Z) (al : AddressList) (l : PeerList) :
  list_ok l -> Forall listable al ->
  exists n l', insert_available now al l = Ok (n, l') /\ list_ok l' /\ entries l' = entries l /\
    AvailableList.size (m_available_list l') <=
      Z.max (AvailableList.size (m_available_list l)) (m_maxSize (m_available_list l)) /\
    exists new, addresses (m_available_list l') = addresses (m_available_list l) ++ new /\
      Forall (fun a => a ∈ al /\ is_inet a /\ sa_port (Some a) <> 0) new.
Proof.
  intros Hl Hal. unfold insert_available. pose proof (lo_available l Hl) as (A1 & A2 & A3).
  destruct (m_maxSize (m_available_list l) <=? AvailableList.size (m_available_list l)) eqn:E; bool_prop.
  { exists 0, l. split_and!; try done; [lia|]. exists []. by rewrite app_nil_r. }
  set (av := reserve _ _).
  assert (Hav : available_ok av).
  { split_and!; [done|done|]. subst av. unfold AvailableList.size in *. cbn. lia. }
  destruct (available_loop_ok now al 0 (length (addresses av)) 0 (with_available l av)) as
    (n & l' & G0 & G1 & G2 & G3 & G4 & G5); [by apply with_available_ok|done|lia|done| | |].
  - cbn. unfold AvailableList.size in *. cbn. lia.
  - cbn. unfold AvailableList.size in *. cbn. lia.
  - exists n, l'. split_and!; try done. cbn in G4. lia.
Qed.

(** Addresses from a message of the exchange of peers. *)
Lemma insert_pex_list_ok now s l : list_ok l -> Forall is_u8 s ->
  exists n l', insert_pex_list now s l = Ok (n, l') /\ list_ok l' /\ entries l' = entries l /\
    AvailableList.size (m_available_list l') <=
      Z.max (AvailableList.size (m_available_list l)) (m_maxSize (m_available_list l)).
Proof.
  intros Hl Hs. unfold insert_pex_list. destruct s as [|c s]; [exists 1, l; split_and!; [done|done|done|lia]|].
  unfold parse_address_compact. cbn [app]. set (k := ((length (c :: s) - _) / 6)%nat).
  destruct (copy_entries_inet k (c :: s) Hs) as [Hi _].
  { subst k. set (m := length (c :: s)). pose proof (Nat.Div0.mod_le m 6).
    etransitivity; [apply Nat.Div0.mul_div_le|]. lia. }
  destruct (sort_and_unique_bytes _ Hi) as (r & -> & Hr & _). res_simpl.
  destruct (insert_available_ok now r l Hl) as (n & l' & E & H1 & H2 & H3 & _).
  { apply Forall_forall. intros a Ha. left. rewrite Forall_forall in Hi. apply Hi, Hr, Ha. }
  by exists n, l'.
Qed.

(** New addresses, sorted or not, never overfill the list of those available:
    what is added comes from the source and has a port, the entries of known
    peers stay, and no iterator into the vector is used after it moved. *)
Theorem insert_available_bounded (now : Z) (al : AddressList) (l : PeerList) :
  list_ok l -> Forall listable al ->
  exists n l', insert_available now al l = Ok (n, l') /\ list_ok l' /\ entries l' = entries l /\
    AvailableList.size (m_available_list l') <=
      Z.max (AvailableList.size (m_available_list l)) (m_maxSize (m_available_list l)) /\
    exists new, addresses (m_available_list l') = addresses (m_available_list l) ++ new /\
      Forall (fun a => a ∈ al /\ is_inet a /\ sa_port (Some a) <> 0) new.
Proof. apply insert_available_ok. Qed.

(** A new address gives a peer that is neither connected nor blocked, with the
    port to connect to; an address that is known, or not of a peer, changes nothing. *)
Theorem insert_address_fresh (t : Extents.table) (fresh : Z) (sa : sockaddr) (flags : Z) (l : PeerList) :
  list_ok l -> ~ past_last t sa -> is_inet sa -> peers l !! fresh = None ->
  exists r l', insert_address t fresh sa flags l = Ok (r, l') /\ list_ok l' /\
    match r with
    | None => l' = l /\ range (from_sockaddr (Some sa)) (entries l) <> []
    | Some p => p = fresh /\ range (from_sockaddr (Some sa)) (entries l) = [] /\
        (exists i, peers l' = <[fresh := i]> (peers l) /\ is_connected i = false /\ is_blocked i = false /\
          m_listenPort i = sa_port (Some sa) /\ m_address i = sa) /\
        (sa_bytes sa ∈ sa_bytes <$> addresses (m_available_list l') \/
         addresses (m_available_list l') = addresses (m_available_list l))
    end.
Proof.
  intros Hl Ht Hs Hf. unfold insert_address.
  assert (Hv : valid_family sa = true) by by destruct sa.
  assert (Hc : is_comparable_sockaddr (Some sa) = true) by by destruct sa. rewrite Hv, Hc, andb_false_r. res_simpl.
  destruct (range (from_sockaddr (Some sa)) (entries l)) as [|e es] eqn:Er.
  2:{ exists None, l. by split_and!. }
  set (i0 := set_listen_port (new_peer_info sa) (sa_port (Some sa))).
  assert (Hi : exists v, match sa with
      | AF_INET s => v ← filter_of t s; Ok (set_flags i0 (Z.land v mask_ip_table))
      | AF_INET6 _ => Ok i0 | _ => Throw internal_error end = Ok (set_flags i0 (Z.land v mask_ip_table))).
  { destruct sa as [|s|s| |]; try done; [|by exists 0].
    destruct (filter_answers t s Ht) as [v ->]. by exists v. }
  destruct Hi as [v ->]. res_simpl. set (i := set_flags i0 _).
  assert (Hm : forall n, (n = 0 \/ n = 3) -> has_flag i (2 ^ n) = false).
  { intros n Hn. rewrite peer_flag_bit by lia. cbn [m_flags i set_flags with_flags i0 set_listen_port new_peer_info].
    rewrite Z.lor_0_l, Z.land_spec. by destruct Hn as [-> | ->]; rewrite andb_false_r. }
  assert (Hav : exists a, (if flag_set flags address_available && negb (m_listenPort i =? 0)
      then '(_, a) ← insert_unique false sa (m_available_list l); Ok a else Ok (m_available_list l)) = Ok a /\
      available_ok a /\ (sa_bytes sa ∈ sa_bytes <$> addresses a \/ addresses a = addresses (m_available_list l))).
  { destruct (_ && _); [|exists (m_available_list l); split_and!; [done|apply Hl|by right]].
    destruct (insert_unique_ok false sa (m_available_list l) Hs (lo_available l Hl)) as
      (b & a & -> & Ha & _ & _ & _ & E & Hb); [done|]. res_simpl. exists a. split_and!; [done|done|]. left. rewrite E.
    destruct b; [rewrite fmap_app; apply elem_of_app; right; left|].
    by apply eq_sym, negb_false_iff, bool_decide_eq_true in Hb. }
  destruct Hav as (a & -> & Ha & Hin). res_simpl. eexists. eexists. split; [done|]. split.
  - apply (insert_peer_entry_ok (with_available l a) fresh i); [by apply with_available_ok|done|done].
  - split_and!; try done. exists i. split_and!; [done| | |done|done].
    + apply (Hm 0). by left.
    + apply (Hm 3). by right.
Qed.

(** Culling counts the peers it deletes, and keeps those that are connected,
    that transfer or that were connected lately. *)
Lemma cull_loop_ok timer flags es l c : 0 <= c -> c + zlen es < 2 ^ 32 -> NoDup (snd <$> es) ->
  (forall e, e ∈ es -> is_Some (peers l !! snd e)) ->
  (forall e i, e ∈ es -> peers l !! snd e = Some i -> is_blocked i = true -> keep_peer timer flags i = true) ->
  exists es' l', cull_loop timer flags es l c = Ok (es', l', c + (zlen es - zlen es')) /\ sublist es' es /\
    entries l' = entries l /\ m_available_list l' = m_available_list l /\
    (forall p, p ∉ snd <$> es -> peers l' !! p = peers l !! p) /\
    (forall e, e ∈ es -> exists i, peers l !! snd e = Some i /\
      (if keep_peer timer flags i then (e ∈ es') /\ peers l' !! snd e = Some i
       else (e ∉ es') /\ peers l' !! snd e = None)).
Proof.
  revert l c. induction es as [|[k p] es IH]; intros l c Hc Hsz Hn Hp Hb.
  { exists [], l. cbn [cull_loop]. split_and!; try done; [|intros e He; by apply elem_of_nil in He].
    by rewrite Z.sub_diag, Z.add_0_r. }
  rewrite fmap_cons in Hn. apply NoDup_cons in Hn as [Hnp Hn]. cbn [snd] in Hnp.
  assert (Hzl : zlen ((k, p) :: es) = 1 + zlen es) by (unfold zlen; simpl length; lia).
  pose proof (zlen_nonneg es) as Hz0.
  destruct (Hp (k, p) ltac:(left)) as [i Hi]. cbn [snd] in Hi. cbn [cull_loop]. unfold peer. rewrite Hi. res_simpl.
  assert (Hother : forall e, e ∈ es -> snd e <> p).
  { intros e He <-. apply Hnp, list_elem_of_fmap. eauto. }
  destruct (keep_peer timer flags i) eqn:Ek.
  - destruct (IH l c) as (es' & l' & E & G1 & G2 & G3 & G4 & G5); try done; [lia|intros e He; apply Hp; by right|
      intros e j He; apply Hb; by right|]. rewrite E. res_simpl. exists ((k, p) :: es'), l'. split_and!; try done.
    + assert (Hzl' : zlen ((k, p) :: es') = 1 + zlen es') by (unfold zlen; simpl length; lia).
      rewrite Hzl, Hzl'. do 2 f_equal. lia.
    + by constructor.
    + intros q Hq. apply G4. intros Hin. apply Hq. by right.
    + intros e [->|He]%elem_of_cons.
      * cbn [snd]. exists i. rewrite Ek. split; [done|]. split; [left|]. by rewrite G4.
      * destruct (G5 e He) as (j & Hj & Hk). exists j. split; [done|].
        destruct (keep_peer timer flags j); [split; [right|]; by destruct Hk|]. destruct Hk as [Hk1 Hk2].
        split; [|done]. intros [->|]%elem_of_cons; [by specialize (Hother _ He)|done].
  - assert (Hnb : is_blocked i = false).
    { destruct (is_blocked i) eqn:Ebl; [|done]. rewrite (Hb (k, p) i) in Ek; [done|left|done|done]. }
    rewrite Hnb. res_simpl. rewrite (u32_small (c + 1)) by lia.
    destruct (IH (mkPeerList (delete p (peers l)) (entries l) (m_available_list l)) (c + 1)) as
      (es' & l' & E & G1 & G2 & G3 & G4 & G5); cbn [peers]; try done; [lia|lia| | |].
    { intros e He. rewrite lookup_delete_ne by (apply not_eq_sym, Hother, He). apply Hp. by right. }
    { intros e j He. rewrite lookup_delete_ne by (apply not_eq_sym, Hother, He). apply Hb. by right. }
    rewrite E. exists es', l'. split_and!; try done.
    + rewrite Hzl. do 2 f_equal. lia.
    + by constructor.
    + intros q Hq. rewrite G4 by (intros Hin; apply Hq; by right). cbn [peers]. rewrite lookup_delete_ne; [done|].
      intros ->. apply Hq. left.
    + intros e [->|He]%elem_of_cons.
      * cbn [snd]. exists i. rewrite Ek. split; [done|]. split; [|rewrite G4 by done; apply lookup_delete_eq].
        intros Hin. apply (elem_of_sublist es' es) in Hin; [|done]. by specialize (Hother _ Hin).
      * destruct (G5 e He) as (j & Hj & Hk). exists j. cbn [peers] in Hj.
        rewrite lookup_delete_ne in Hj by (apply not_eq_sym, Hother, He). done.
Qed.

Lemma sublist_in_order es fs : sublist es fs -> in_order fs -> in_order es.
Proof.
  unfold in_order. induction 1 as [|e es fs Hsub IH|e es fs Hsub IH]; intros Hs; [done| |].
  - apply StronglySorted_inv in Hs as [Hs Hf]. constructor; [by apply IH|].
    rewrite Forall_forall in *. intros x Hx. apply Hf. by apply (elem_of_sublist es).
  - apply StronglySorted_inv in Hs as [Hs _]. by apply IH.
Qed.

(** Culling leaves the peers to be kept, and these only; a blocked peer that
    is not to be kept would fail the assertion of its destructor. *)
Theorem cull_peers_filters (now flags : Z) (l : PeerList) :
  let timer := if flag_set flags cull_old then u32 (now - 24 * 60 * 60) else 0 in
  list_ok l -> zlen (entries l) < 2 ^ 32 ->
  (forall p i, peers l !! p = Some i -> is_blocked i = true -> keep_peer timer flags i = true) ->
  exists l', cull_peers now flags l = Ok (zlen (entries l) - zlen (entries l'), l') /\ list_ok l' /\
    sublist (entries l') (entries l) /\ m_available_list l' = m_available_list l /\
    (forall p, peers l' !! p = (i ← peers l !! p; if keep_peer timer flags i then Some i else None)).
Proof.
  intros timer Hl Hsz Hb. unfold cull_peers. fold timer. pose proof Hl as [H1 H2 H3 H4 H5].
  assert (Hpk : forall e, e ∈ entries l -> is_Some (peers l !! snd e)).
  { intros [k p] He. destruct (H3 k p He) as (i & Hi & _). cbn [snd]. by rewrite Hi. }
  destruct (cull_loop_ok timer flags (entries l) l 0) as (es & l' & E & G1 & G2 & G3 & G4 & G5);
    [lia|lia|done|done|intros e i _; apply Hb|]. rewrite E. res_simpl. rewrite Z.add_0_l.
  assert (Hpeers : forall p, peers l' !! p = (i ← peers l !! p; if keep_peer timer flags i then Some i else None)).
  { intros p. destruct (decide (p ∈ snd <$> entries l)) as [([k q] & Hq & He)%list_elem_of_fmap|Hnot].
    - cbn in Hq. subst q. destruct (G5 _ He) as (i & Hi & Hk). cbn [snd] in *. rewrite Hi. cbn.
      by destruct (keep_peer timer flags i); destruct Hk.
    - rewrite G4 by done. destruct (peers l !! p) eqn:Hp; [|done]. exfalso. apply Hnot, H4. by rewrite Hp. }
  exists (mkPeerList (peers l') es (m_available_list l')). split; [done|]. cbn [entries peers m_available_list]. split_and!; [|done|done|done].
  split; cbn [entries peers m_available_list].
  - by apply (sublist_in_order _ (entries l)).
  - apply (sublist_NoDup _ (snd <$> entries l)); [done|]. by apply fmap_sublist.
  - intros k p He. assert (He' : (k, p) ∈ entries l) by by apply (elem_of_sublist es).
    destruct (H3 k p He') as (i & Hi & Hin). exists i. split; [|done]. destruct (G5 _ He') as (j & Hj & Hk).
    cbn [snd] in *. rewrite Hi in Hj. injection Hj as <-. by destruct (keep_peer timer flags i); destruct Hk.
  - intros p. rewrite Hpeers. destruct (peers l !! p) as [i|] eqn:Hp; [|by intros [? ?]]. cbn.
    destruct (keep_peer timer flags i) eqn:Ek; [|by intros [? ?]]. intros _.
    pose proof (H4 p ltac:(by rewrite Hp)) as ([k q] & Hq & He)%list_elem_of_fmap. cbn in Hq. subst q.
    destruct (G5 _ He) as (j & Hj & Hk). cbn [snd] in *. rewrite Hp in Hj. injection Hj as <-. rewrite Ek in Hk.
    apply list_elem_of_fmap. exists (k, p). by destruct Hk.
  - by rewrite G3.
Qed.

(** The last element takes the place of one that is taken out. *)
Lemma take_out_perm {A} (v : list A) pos c b : v !! pos = Some c -> last v = Some b ->
  v ≡ₚ c :: removelast (<[pos := b]> v).
Proof.
  intros Hc Hb. pose proof (lookup_lt_Some _ _ _ Hc) as Hlt. apply last_Some in Hb as [u ->].
  rewrite length_app in Hlt. simpl in Hlt. destruct (decide (pos = length u)) as [-> |Hne].
  - rewrite lookup_app_r, Nat.sub_diag in Hc by lia. injection Hc as <-.
    rewrite insert_app_r_alt, Nat.sub_diag by lia. simpl. rewrite removelast_last. symmetry. apply Permutation_cons_append.
  - rewrite insert_app_l by lia. rewrite removelast_last. rewrite lookup_app_l in Hc by lia.
    rewrite <- (take_drop_middle u pos c Hc) at 1. rewrite insert_take_drop by lia.
    rewrite <- !app_assoc. cbn [app]. rewrite <- Permutation_middle. constructor.
    by rewrite (Permutation_app_comm (drop (S pos) u) [b]).
Qed.

(** A random address is taken out, no other. *)
Theorem pop_random_takes_one (rnd : Z) (a : AvailableList) :
  available_ok a -> 0 <= rnd -> addresses a <> [] ->
  exists sa a', pop_random rnd a = Ok (sa, a') /\ available_ok a' /\ addresses a ≡ₚ sa :: addresses a'.
Proof.
  intros (Hi & Hn & Hc) Hr Hne. unfold pop_random, AvailableList.size.
  assert (Hz : 0 < zlen (addresses a)).
  { destruct (addresses a); [done|]. unfold zlen. simpl. lia. }
  rewrite (proj2 (Z.eqb_neq _ _)) by lia. res_simpl. unfold take_out. set (n := Z.to_nat _).
  assert (Hlt : (n < length (addresses a))%nat).
  { pose proof (Z.mod_pos_bound rnd (zlen (addresses a)) Hz) as Hm. unfold zlen in *. subst n. lia. }
  destruct (lookup_lt_is_Some_2 _ _ Hlt) as [x Hx]. rewrite Hx. res_simpl.
  destruct (last (addresses a)) as [b|] eqn:Hb; [|by apply last_None in Hb]. res_simpl. exists x. eexists. split; [done|].
  pose proof (take_out_perm _ _ _ _ Hx Hb) as Hperm. split; [|done]. cbn [with_addresses addresses].
  split_and!; cbn [with_addresses addresses].
  - rewrite Hperm in Hi. by apply Forall_cons in Hi as [_ Hi].
  - rewrite Hperm in Hn. rewrite fmap_cons in Hn. by apply NoDup_cons in Hn as [_ Hn].
  - unfold AvailableList.size. cbn. lia.
Qed.

End facts.

(** ** Concrete lists *)

Section Witnesses.
#[local] Instance this_host : ByteOrder := true.

(** The last address of all is a range of its own. *)
Definition one_range : Extents.table := [(2 ^ 32 - 1, (2 ^ 32 - 1, 0))].
Definition no_peers : PeerList := mkPeerList ∅ [] (mkAvailable [] 0 2 []).
Definition peer_address (p : Z) : sockaddr := AF_INET (mkSin 16777343 (htons p)).
Definition one_peer : PeerList :=
  insert_entry (from_sockaddr (Some (peer_address 6881))) 7
    (set_flags (new_peer_info (peer_address 6881)) flag_connected) no_peers.

Lemma no_peers_ok : list_ok no_peers.
Proof.
  split; cbn; [constructor|constructor|intros k p He; by apply elem_of_nil in He| |].
  - intros p [i Hi]. by rewrite lookup_empty in Hi.
  - split_and!; [constructor|constructor|done].
Qed.

Lemma peer_address_ok p : is_inet (peer_address p).
Proof. unfold is_inet, is_sin, is_u32, peer_address. cbn [sin_addr sin_port]. split; [lia|apply htons_range]. Qed.

Lemma one_peer_ok : list_ok one_peer.
Proof.
  apply (insert_peer_entry_ok no_peers 7 (set_flags (new_peer_info (peer_address 6881)) flag_connected));
    [apply no_peers_ok|done|apply peer_address_ok].
Qed.

Lemma connected_gives_free_peer_witness :
  (exists r l', connected one_range 1000 8 (peer_address 6881) connect_incoming one_peer = Ok (r, l') /\ list_ok l') /\
  connected [] 1000 8 (peer_address 6881) connect_incoming one_peer = UB.
Proof.
  split.
  - destruct (connected_gives_free_peer one_range 1000 8 (peer_address 6881) connect_incoming one_peer) as [_ H];
      [apply one_peer_ok|apply peer_address_ok|reflexivity|].
    destruct H as (r & l' & E & Hl & _); [|by exists r, l']. intros Hp. apply Forall_cons in Hp as [Hp _].
    vm_compute in Hp. by apply Hp.
  - apply connected_gives_free_peer; [apply one_peer_ok|apply peer_address_ok|reflexivity|constructor].
Defined.

Lemma disconnected_frees_peer_witness :
  exists l' i', disconnected 1000 7 0 one_peer = Ok l' /\ peers l' !! 7 = Some i' /\ is_connected i' = false.
Proof.
  destruct (disconnected_frees_peer 1000 7 0 one_peer (set_flags (new_peer_info (peer_address 6881)) flag_connected))
    as (l' & i' & E & _ & H1 & H2 & _); [apply one_peer_ok|reflexivity|reflexivity|reflexivity|].
  by exists l', i'.
Defined.

Lemma insert_available_bounded_witness :
  exists n l', insert_available 1000 [peer_address 1; peer_address 2; peer_address 3] no_peers = Ok (n, l') /\
    AvailableList.size (m_available_list l') <= 2.
Proof.
  destruct (insert_available_bounded 1000 [peer_address 1; peer_address 2; peer_address 3] no_peers) as
    (n & l' & E & _ & _ & H & _); [apply no_peers_ok|repeat constructor; apply peer_address_ok|].
  by exists n, l'.
Defined.

(** A peer that is already connected is listed a second time. *)
Example second_connection :
  (match connected one_range 1000 8 (peer_address 6881) connect_incoming one_peer with
   | Ok (Some p, l') => p = 8 /\ snd <$> entries l' = [7; 8]
   | _ => False
   end).
Proof. vm_compute. done. Qed.

(** The count of new addresses includes one that was there already. *)
Example known_address_counted :
  (match insert_available 1000 [peer_address 1] no_peers with
   | Ok (1, l') => match insert_available 1000 [peer_address 1] l' with
                   | Ok (1, l'') => addresses (m_available_list l'') = addresses (m_available_list l')
                   | _ => False
                   end
   | _ => False
   end).
Proof. vm_compute. done. Qed.

(** A disconnected peer whose address is to be used again is made available
    without its port. *)
Example available_without_port :
  (match disconnected 1000 7 disconnect_available
           (with_peer one_peer 7 (set_listen_port (set_flags (new_peer_info (peer_address 6881)) flag_connected) 6881)) with
   | Ok l' => (fun a => sa_port (Some a)) <$> addresses (m_available_list l') = [0]
   | _ => False
   end).
Proof. vm_compute. done. Qed.

End Witnesses.

End PeerList.
