(* ===== verification/ConnectionList.v ===== *)
(** * Open connections of a download (src/torrent/peer/connection_list.cc)

    Module [ConnectionList]: the vector of connections, the queue of those to
    be disconnected later, and the peer list of the download, whose peers point
    back at their connection.  A connection is a pointer into a store; of
    [PeerConnectionBase] the store has what the list sees: its peer, whether its
    descriptor is open and whether the peer has all chunks.  Signals, clean-ups
    and the timer are a trace. *)

From S2P Require Import Prelude Object ProtocolBase SocketAddress Utils PeerList.

Module ConnectionList.
Import SocketAddress SocketAddressKey AddressList PeerInfo PeerList.

Record conn := mkConn { c_peer : Z; c_fd : Z; c_seeder : bool }.

Inductive event :=
| signal_connected (c : Z)
| signal_disconnected (c : Z)
| cleanup (c : Z)
| update_delay_disconnect.

Record ConnectionList := mkConnections {
  conns : list Z;
  m_minSize : Z;
  m_maxSize : Z;
  m_disconnectQueue : list (list Z);
  accepting_new_peers : bool;
  store : gmap Z conn;
  peer_list : PeerList;
  trace : list event
}.

Definition disconnect_available : Z := Z.shiftl 1 0.
Definition disconnect_quick : Z := Z.shiftl 1 1.
Definition disconnect_unwanted : Z := Z.shiftl 1 2.
Definition disconnect_delayed : Z := Z.shiftl 1 3.
(** [choke_queue::unlimited]. *)
Definition unlimited : Z := 2 ^ 32 - 1.

Definition new_list (pl : PeerList) : ConnectionList := mkConnections [] 50 100 [] true ∅ pl [].

Definition size (w : ConnectionList) : Z := u32 (zlen (conns w)).

Definition with_conns (w : ConnectionList) (v : list Z) : ConnectionList :=
  mkConnections v (m_minSize w) (m_maxSize w) (m_disconnectQueue w) (accepting_new_peers w) (store w) (peer_list w) (trace w).
Definition with_queue (w : ConnectionList) (q : list (list Z)) : ConnectionList :=
  mkConnections (conns w) (m_minSize w) (m_maxSize w) q (accepting_new_peers w) (store w) (peer_list w) (trace w).
Definition with_store (w : ConnectionList) (m : gmap Z conn) : ConnectionList :=
  mkConnections (conns w) (m_minSize w) (m_maxSize w) (m_disconnectQueue w) (accepting_new_peers w) m (peer_list w) (trace w).
Definition with_peers (w : ConnectionList) (pl : PeerList) : ConnectionList :=
  mkConnections (conns w) (m_minSize w) (m_maxSize w) (m_disconnectQueue w) (accepting_new_peers w) (store w) pl (trace w).
Definition emit (e : event) (w : ConnectionList) : ConnectionList :=
  mkConnections (conns w) (m_minSize w) (m_maxSize w) (m_disconnectQueue w) (accepting_new_peers w) (store w)
    (peer_list w) (trace w ++ [e]).
(** [change_flags(flag_accepting_new_peers, size() < m_maxSize)]. *)
Definition change_accepting (w : ConnectionList) : ConnectionList :=
  mkConnections (conns w) (m_minSize w) (m_maxSize w) (m_disconnectQueue w) (size w <? m_maxSize w) (store w)
    (peer_list w) (trace w).

Definition clear (w : ConnectionList) : ConnectionList :=
  with_queue (with_conns (with_store w (foldr delete (store w) (conns w))) []) [].

(** Whether the data is complete or the download seeds initially, whether
    seeders are accepted, and whether the peer's bitfield is all set. *)
Definition want_connection (is_done initial_seeding accepting_seeders is_all_set : bool) : bool :=
  if is_done || initial_seeding then negb is_all_set
  else if negb accepting_seeders then negb is_all_set
  else true.

(** [fresh] is the connection of the slot; [consistent] is whether the keys of
    both directions are there or missing together, and [refused] whether
    [initialize_custom] throws [close_connection]. *)
Definition insert (now fresh p fd : Z) (consistent seeder refused : bool) (w : ConnectionList) : res (option Z * ConnectionList) :=
  if m_maxSize w <=? size w then Ok (None, w)
  else
    pl ← update_peer p (fun i => set_last_connection (set_connection i (Some fresh)) (u32 now)) (peer_list w);
    let w := with_peers w pl in
    _ ← throw_when (fd <? 0) internal_error;
    _ ← throw_when (negb consistent) internal_error;
    if refused then Ok (None, w)
    else
      let w := with_store w (<[fresh := mkConn p fd seeder]> (store w)) in
      let w := change_accepting (with_conns w (conns w ++ [fresh])) in
      Ok (Some fresh, emit (signal_connected fresh) w).

Section host.
Context `{ByteOrder}.

Definition conn_peer (w : ConnectionList) (c : Z) : res PeerInfo :=
  k ← of_deref (store w !! c); peer (peer_list w) (c_peer k).

(** A position past the end is refused; [erase] returns the position it got. *)
Definition erase (now : Z) (pos : nat) (flags : Z) (w : ConnectionList) : res ConnectionList :=
  match conns w !! pos with
  | None => Throw internal_error
  | Some c =>
      if flag_set flags disconnect_delayed then
        i ← conn_peer w c;
        Ok (emit update_delay_disconnect (with_queue w (m_disconnectQueue w ++ [m_id i])))
      else
        k ← of_deref (store w !! c);
        b ← of_deref (last (conns w));
        let w := change_accepting (with_conns w (removelast (<[pos := b]> (conns w)))) in
        let w := emit (cleanup c) (emit (signal_disconnected c) w) in
        pl ← update_peer (c_peer k) (fun i => set_connection i None) (peer_list w);
        pl ← disconnected now (c_peer k) disconnect_set_time pl;
        Ok (with_store (with_peers w pl) (delete c (store w)))
  end.

(** [std::find] of a pointer; the length when it is not there. *)
Fixpoint find_index (c : Z) (v : list Z) : nat :=
  match v with [] => O | x :: v => if x =? c then O else S (find_index c v) end.

Definition erase_peer (now c : Z) (flags : Z) (w : ConnectionList) : res ConnectionList :=
  erase now (find_index c (conns w)) flags w.

Definition erase_peer_info (now p : Z) (flags : Z) (w : ConnectionList) : res ConnectionList :=
  i ← peer (peer_list w) p;
  match m_connection i with
  | None => Ok w
  | Some c =>
      if (find_index c (conns w) <? length (conns w))%nat then erase now (find_index c (conns w)) flags w else Ok w
  end.

(** Each round takes the last connection out, so there are as many rounds as
    connections from [pos] on. *)
Fixpoint remaining_loop (fuel : nat) (now : Z) (pos : nat) (flags : Z) (w : ConnectionList) : res ConnectionList :=
  if bool_decide (pos = length (conns w)) then Ok w
  else
    match fuel with
    | O => UB
    | S fuel => w ← erase now (length (conns w) - 1) flags w; remaining_loop fuel now pos flags w
    end.

Definition erase_remaining (now : Z) (pos : nat) (flags : Z) (w : ConnectionList) : res ConnectionList :=
  w ← remaining_loop (length (conns w) - pos) now pos (Z.lor flags disconnect_quick) w;
  Ok (change_accepting w).

(** [std::partition]: from the left the first that fails the test and from the
    right the last that passes change places. *)
Fixpoint drop_failing {A} (f : A -> bool) (r : list A) : list A * list A :=
  match r with
  | [] => ([], [])
  | x :: r' => if f x then (r, []) else let '(p, q) := drop_failing f r' in (p, x :: q)
  end.

Fixpoint partition_loop {A} (fuel : nat) (f : A -> bool) (v : list A) : list A * list A :=
  match fuel, v with
  | O, _ | _, [] => ([], [])
  | S fuel, x :: v =>
      if f x then let '(yes, no) := partition_loop fuel f v in (x :: yes, no)
      else
        match drop_failing f (rev v) with
        | ([], no) => ([], x :: rev no)
        | (y :: r, no) => let '(yes, no') := partition_loop fuel f (rev r) in (y :: yes, no' ++ x :: rev no)
        end
  end.
Definition partition {A} (f : A -> bool) (v : list A) : list A * list A := partition_loop (length v) f v.

Definition is_not_seeder (w : ConnectionList) (c : Z) : bool :=
  match store w !! c with Some k => negb (c_seeder k) | None => false end.

Definition erase_seeders (now : Z) (w : ConnectionList) : res ConnectionList :=
  let '(yes, no) := partition (is_not_seeder w) (conns w) in
  erase_remaining now (length yes) disconnect_unwanted (with_conns w (yes ++ no)).

(** The first connection whose peer passes a test; the length when there is none. *)
Fixpoint find_peer (f : PeerInfo -> res bool) (w : ConnectionList) (v : list Z) : res nat :=
  match v with
  | [] => Ok O
  | c :: v =>
      i ← conn_peer w c; b ← f i;
      if b : bool then Ok O else n ← find_peer f w v; Ok (S n)
  end.
Definition find_id (id : list Z) (w : ConnectionList) : res nat :=
  find_peer (fun i => Ok (bool_decide (id = m_id i))) w (conns w).
Definition find_address (sa : sockaddr) (w : ConnectionList) : res nat :=
  find_peer (fun i => sa_equal (m_address i) sa) w (conns w).

Fixpoint queued_loop (now : Z) (q : list (list Z)) (w : ConnectionList) : res ConnectionList :=
  match q with
  | [] => Ok w
  | id :: q =>
      n ← find_id id w;
      w ← (if bool_decide (n = length (conns w)) then Ok w else erase now n 0 w);
      queued_loop now q w
  end.

Definition disconnect_queued (now : Z) (w : ConnectionList) : res ConnectionList :=
  w ← queued_loop now (m_disconnectQueue w) w; Ok (with_queue w []).

Fixpoint peer_addresses (w : ConnectionList) (v : list Z) : res (list (Z * sockaddr)) :=
  match v with
  | [] => Ok []
  | c :: v => i ← conn_peer w c; r ← peer_addresses w v; Ok ((c, m_address i) :: r)
  end.

(** [connection_list_less]. *)
Definition conn_le (a b : Z * sockaddr) : Prop := sa_le (snd a) (snd b).
#[global] Instance conn_le_dec : RelDecision conn_le.
Proof. intros a b. unfold conn_le. apply _. Defined.

(** The connections are sorted by address; the result is the list without the
    addresses that are connected. *)
Definition set_difference (l : AddressList) (w : ConnectionList) : res (AddressList * ConnectionList) :=
  v ← peer_addresses w (conns w);
  _ ← throw_when ((1 <? length v)%nat && negb (forallb (fun e => sa_is_inet_inet6 (Some (snd e))) v)) internal_error;
  let v := merge_sort conn_le v in
  l ← AvailableList.set_difference sa_less (S (length l + length v)) l (snd <$> v);
  Ok (l, with_conns w (fst <$> v)).

End host.

Definition set_min_size (v : Z) (w : ConnectionList) : res ConnectionList :=
  _ ← throw_when (Z.shiftl 1 16 <? v) input_error;
  Ok (mkConnections (conns w) v (m_maxSize w) (m_disconnectQueue w) (accepting_new_peers w) (store w)
        (peer_list w) (trace w)).

Definition set_max_size (v : Z) (w : ConnectionList) : res ConnectionList :=
  _ ← throw_when (Z.shiftl 1 16 <? v) input_error;
  let v := if v =? 0 then unlimited else v in
  Ok (change_accepting (mkConnections (conns w) (m_minSize w) v (m_disconnectQueue w) (accepting_new_peers w) (store w)
        (peer_list w) (trace w))).

(** ** Invariant *)

Section facts.
Context `{ByteOrder}.

(** Every connection has a peer of its own that points back at it and is
    connected, and the flag of the download says whether there is room. *)
Record connections_ok (w : ConnectionList) : Prop := {
  co_peers : list_ok (peer_list w);
  co_unique : NoDup (conns w);
  co_conn : forall c, c ∈ conns w -> exists k i, store w !! c = Some k /\
    peers (peer_list w) !! c_peer k = Some i /\ m_connection i = Some c /\ is_connected i = true;
  co_accepting : accepting_new_peers w = (size w <? m_maxSize w)
}.

(** Clearing the pointer of a connected peer and freeing it. *)
Lemma free_peer_ok now p i l : list_ok l -> peers l !! p = Some i -> is_connected i = true ->
  exists l1 l2 i2, update_peer p (fun i => set_connection i None) l = Ok l1 /\
    disconnected now p disconnect_set_time l1 = Ok l2 /\ list_ok l2 /\ peers l2 !! p = Some i2 /\
    m_connection i2 = None /\ is_connected i2 = false /\ m_lastConnection i2 = u32 now /\
    (forall q, q <> p -> peers l2 !! q = peers l !! q).
Proof.
  intros Hl Hp Hc. unfold update_peer, peer. rewrite Hp. res_simpl.
  set (l1 := with_peer l p (set_connection i None)). exists l1.
  pose proof Hl as [_ _ H3 H4 _].
  pose proof (H4 p ltac:(by rewrite Hp)) as ([k q] & Hq & He)%list_elem_of_fmap. cbn in Hq. subst q.
  destruct (H3 k p He) as (j & Hj & Hji & _). rewrite Hp in Hj. injection Hj as <-.
  assert (Hl1 : list_ok l1) by (by apply (with_peer_ok l p i)).
  assert (Hp1 : peers l1 !! p = Some (set_connection i None)) by apply lookup_insert_eq.
  destruct (disconnected_ok now p disconnect_set_time l1 (set_connection i None)) as
    (l2 & i2 & E & G1 & G2 & G3 & G4 & G5 & G6 & G7 & G8 & G9); [done|done|done|done|].
  exists l2, i2. split_and!; try done. intros q Hq. rewrite G9 by done. subst l1. cbn.
  by rewrite lookup_insert_ne by done.
Qed.

(** Taking a connection out at once. *)
Lemma erase_now_ok now pos flags w c : connections_ok w -> conns w !! pos = Some c ->
  flag_set flags disconnect_delayed = false ->
  exists w', erase now pos flags w = Ok w' /\ connections_ok w' /\ conns w ≡ₚ c :: conns w' /\
    (S pos = length (conns w) -> conns w' = take pos (conns w)) /\
    m_maxSize w' = m_maxSize w /\ m_disconnectQueue w' = m_disconnectQueue w /\ store w' = delete c (store w) /\
    trace w' = trace w ++ [signal_disconnected c; cleanup c] /\
    exists k i, store w !! c = Some k /\ peers (peer_list w') !! c_peer k = Some i /\ m_connection i = None /\
      is_connected i = false /\ m_lastConnection i = u32 now /\
      forall q, q <> c_peer k -> peers (peer_list w') !! q = peers (peer_list w) !! q.
Proof.
  intros [H1 H2 H3 H4] Hc Hf. unfold erase. rewrite Hc, Hf.
  assert (Hin : c ∈ conns w) by by eapply list_elem_of_lookup_2.
  destruct (H3 c Hin) as (k & i & Hk & Hi & Hic & Hcon). rewrite Hk. res_simpl.
  destruct (last (conns w)) as [b|] eqn:Hb; [|apply last_None in Hb; rewrite Hb in Hc; done]. res_simpl.
  cbn [emit change_accepting with_conns peer_list].
  destruct (free_peer_ok now (c_peer k) i (peer_list w) H1 Hi Hcon) as
    (l1 & l2 & i2 & E1 & E2 & G1 & G2 & G3 & G4 & G5 & G6). rewrite E1. res_simpl. rewrite E2. res_simpl.
  pose proof (take_out_perm _ _ _ _ Hc Hb) as Hperm. eexists. split; [done|].
  cbn [with_store with_peers emit change_accepting with_conns conns m_maxSize m_disconnectQueue store trace peer_list].
  assert (Hnd : NoDup (c :: removelast (<[pos := b]> (conns w)))) by by rewrite <- Hperm.
  apply NoDup_cons in Hnd as [Hnot Hnd].
  split_and!; try done.
  - split; cbn; [done|done| |done]. intros d Hd.
    assert (Hd' : d ∈ conns w) by (rewrite Hperm; by right).
    assert (Hdc : d <> c) by (intros ->; done).
    destruct (H3 d Hd') as (kd & id & Hkd & Hid & Hidc & Hidn). exists kd, id.
    rewrite lookup_delete_ne by done. split_and!; try done. rewrite G6; [done|]. intros Heq. congruence.
  - intros Hl. apply last_Some in Hb as [u Hu]. rewrite Hu in *. rewrite length_app in Hl. simpl in Hl.
    rewrite insert_app_r_alt by lia. replace (pos - length u)%nat with 0%nat by lia. simpl.
    rewrite removelast_last, take_app_le by lia. symmetry. apply take_ge. lia.
  - by rewrite <- app_assoc.
  - exists k, i2. by split_and!.
Qed.

(** A connection of the list that is closed is out of it, its peer is free
    again and points at nothing, and no other connection is touched; listeners
    are told before the connection is cleaned up. *)
Theorem erase_frees_connection (now : Z) (pos : nat) (flags : Z) (w : ConnectionList) (c : Z) :
  connections_ok w -> conns w !! pos = Some c -> flag_set flags disconnect_delayed = false ->
  exists w', erase now pos flags w = Ok w' /\ connections_ok w' /\ conns w ≡ₚ c :: conns w' /\
    store w' !! c = None /\ trace w' = trace w ++ [signal_disconnected c; cleanup c] /\
    exists k i, store w !! c = Some k /\ peers (peer_list w') !! c_peer k = Some i /\ m_connection i = None /\
      is_connected i = false /\
      forall q, q <> c_peer k -> peers (peer_list w') !! q = peers (peer_list w) !! q.
Proof.
  intros Hw Hc Hf. destruct (erase_now_ok now pos flags w c Hw Hc Hf) as
    (w' & E & G1 & G2 & _ & _ & _ & G3 & G4 & k & i & G5 & G6 & G7 & G8 & _ & G9).
  exists w'. rewrite G3, lookup_delete_eq. split_and!; try done. by exists k, i.
Qed.

Lemma flag_quick flags : flag_set flags disconnect_delayed = false ->
  flag_set (Z.lor flags disconnect_quick) disconnect_delayed = false.
Proof.
  unfold flag_set, disconnect_delayed, disconnect_quick. change (Z.shiftl 1 3) with (2 ^ 3).
  rewrite !land_pow2 by lia. intros Hb. rewrite Z.lor_spec, Hb. done.
Qed.

Lemma remaining_loop_ok n now pos flags w : connections_ok w -> flag_set flags disconnect_delayed = false ->
  length (conns w) = (pos + n)%nat ->
  exists w', remaining_loop n now pos flags w = Ok w' /\ connections_ok w' /\ conns w' = take pos (conns w) /\
    m_maxSize w' = m_maxSize w /\
    trace w' = trace w ++ flat_map (fun c => [signal_disconnected c; cleanup c]) (rev (drop pos (conns w))).
Proof.
  intros Hw Hf. revert w Hw. induction n as [|n IH]; intros w Hw Hl; cbn [remaining_loop].
  - rewrite bool_decide_eq_true_2 by lia. exists w. rewrite drop_ge, app_nil_r by lia. split_and!; try done.
    symmetry. apply take_ge. lia.
  - rewrite bool_decide_eq_false_2 by lia.
    assert (Hlt : (length (conns w) - 1 < length (conns w))%nat) by lia.
    destruct (lookup_lt_is_Some_2 _ _ Hlt) as [c Hc].
    destruct (erase_now_ok now _ flags w c Hw Hc Hf) as (w1 & E & G1 & _ & G2 & G3 & _ & _ & G4 & _).
    rewrite E. res_simpl. specialize (G2 ltac:(lia)).
    assert (Hd : drop pos (conns w) = drop pos (conns w1) ++ [c]).
    { rewrite <- (take_drop (length (conns w) - 1) (conns w)) at 1. rewrite drop_app_le by (rewrite length_take; lia).
      rewrite <- G2. f_equal. rewrite (drop_S _ c) by done. by rewrite drop_ge by lia. }
    destruct (IH w1 G1) as (w2 & E2 & F1 & F2 & F3 & F4); [rewrite G2, length_take; lia|].
    exists w2. split_and!; try done; [|congruence|].
    + rewrite F2, G2, take_take. f_equal. lia.
    + rewrite F4, G4, Hd, rev_app_distr. simpl. by rewrite <- app_assoc.
Qed.

Lemma change_accepting_ok w : connections_ok w -> connections_ok (change_accepting w).
Proof. intros [H1 H2 H3 H4]. by split. Qed.

(** Closing all connections from a position on comes to an end, closes them
    one at a time from the last, and leaves those before the position. *)
Theorem erase_remaining_ok (now : Z) (pos : nat) (flags : Z) (w : ConnectionList) :
  connections_ok w -> (pos <= length (conns w))%nat -> flag_set flags disconnect_delayed = false ->
  exists w', erase_remaining now pos flags w = Ok w' /\ connections_ok w' /\ conns w' = take pos (conns w) /\
    trace w' = trace w ++ flat_map (fun c => [signal_disconnected c; cleanup c]) (rev (drop pos (conns w))).
Proof.
  intros Hw Hp Hf. unfold erase_remaining.
  destruct (remaining_loop_ok (length (conns w) - pos) now pos (Z.lor flags disconnect_quick) w Hw) as
    (w' & E & G1 & G2 & _ & G3); [by apply flag_quick|lia|]. rewrite E. res_simpl. eexists. split; [done|].
  split; [by apply change_accepting_ok|done].
Qed.

(** With the delayed flag the list would not shrink, and the loop not end. *)
Lemma remaining_delayed_stuck fuel now pos flags w : flag_set flags disconnect_delayed = true ->
  connections_ok w -> (pos < length (conns w))%nat -> remaining_loop fuel now pos flags w = UB.
Proof.
  intros Hf. revert w. induction fuel as [|fuel IH]; intros w Hw Hp; cbn [remaining_loop];
    rewrite bool_decide_eq_false_2 by lia; [done|].
  assert (Hlt : (length (conns w) - 1 < length (conns w))%nat) by lia.
  destruct (lookup_lt_is_Some_2 _ _ Hlt) as [c Hc]. unfold erase. rewrite Hc, Hf.
  destruct (co_conn w Hw c ltac:(by eapply list_elem_of_lookup_2)) as (k & i & Hk & Hi & _).
  unfold conn_peer, peer. rewrite Hk. res_simpl. rewrite Hi. res_simpl.
  apply IH; [|done]. destruct Hw as [A1 A2 A3 A4]. by split.
Qed.

(** A connection is added while there is room, to a peer that is connected
    and has no connection; its signal is the last step. *)
Theorem insert_adds_connection (now fresh p fd : Z) (seeder : bool) (w : ConnectionList) (i : PeerInfo) :
  connections_ok w -> peers (peer_list w) !! p = Some i -> is_connected i = true -> m_connection i = None ->
  fresh ∉ conns w -> 0 <= fd ->
  exists r w', insert now fresh p fd true seeder false w = Ok (r, w') /\ connections_ok w' /\
    (if m_maxSize w <=? size w then r = None /\ w' = w
     else r = Some fresh /\ conns w' = conns w ++ [fresh] /\ trace w' = trace w ++ [signal_connected fresh] /\
       exists j, peers (peer_list w') !! p = Some j /\ m_connection j = Some fresh /\ m_lastConnection j = u32 now).
Proof.
  intros Hw Hp Hc Hn Hf Hfd. unfold insert. destruct (m_maxSize w <=? size w); [by exists None, w|].
  unfold update_peer, peer. rewrite Hp. res_simpl. rewrite (proj2 (Z.ltb_ge fd 0)) by lia. res_simpl.
  cbn [negb]. res_simpl. eexists. eexists. split; [done|]. destruct Hw as [H1 H2 H3 H4].
  set (j := set_last_connection (set_connection i (Some fresh)) (u32 now)).
  cbn [with_store with_peers emit change_accepting with_conns conns m_maxSize m_disconnectQueue store trace peer_list].
  split.
  - split; cbn [with_store with_peers emit change_accepting with_conns conns m_maxSize store trace peer_list accepting_new_peers].
    + assert (Hin : is_inet (m_address i)).
      { pose proof H1 as [_ _ P3 P4 _].
        pose proof (P4 p ltac:(by rewrite Hp)) as ([k q] & Hq & He)%list_elem_of_fmap. cbn in Hq. subst q.
        destruct (P3 k p He) as (i' & Hi' & ? & _). rewrite Hp in Hi'. by injection Hi' as <-. }
      by apply (with_peer_ok (peer_list w) p i).
    + apply NoDup_app. split_and!; [done| |apply NoDup_singleton]. intros x Hx ->%list_elem_of_singleton. done.
    + intros c [Hin| ->%list_elem_of_singleton]%elem_of_app.
      * assert (Hcf : c <> fresh) by (intros ->; done). destruct (H3 c Hin) as (k & ic & Hk & Hi & Hic & Hcc).
        exists k, ic. rewrite lookup_insert_ne by done. cbn. rewrite lookup_insert_ne by congruence. done.
      * exists (mkConn p fd seeder), j. cbn. rewrite !lookup_insert_eq. done.
    + done.
  - split_and!; try done. exists j. cbn. rewrite lookup_insert_eq. done.
Qed.

(** ** Partition *)
Lemma drop_failing_spec {A} (f : A -> bool) (r : list A) : let '(p, q) := drop_failing f r in r = q ++ p /\ Forall (fun x => f x = false) q /\
  match p with [] => True | x :: _ => f x = true end.
Proof.
  induction r as [|x r IH]; cbn [drop_failing]; [by split_and!|].
  destruct (f x) eqn:E; [by split_and!|]. destruct (drop_failing f r) as [p q]. destruct IH as (-> & H2 & H3).
  split_and!; [done|by constructor|done].
Qed.

Lemma partition_loop_spec {A} fuel (f : A -> bool) (v : list A) : (length v <= fuel)%nat -> let '(yes, no) := partition_loop fuel f v in
  yes ++ no ≡ₚ v /\ Forall (fun x => f x = true) yes /\ Forall (fun x => f x = false) no.
Proof.
  revert v. induction fuel as [|fuel IH]; intros v Hl.
  { destruct v; [|simpl in Hl; lia]. cbn. by split_and!. }
  destruct v as [|x v]; cbn [partition_loop]; [by split_and!|]. simpl in Hl. destruct (f x) eqn:E.
  - specialize (IH v ltac:(lia)). destruct (partition_loop fuel f v) as [yes no]. destruct IH as (H1 & H2 & H3).
    split_and!; [cbn; by rewrite H1|by constructor|done].
  - pose proof (drop_failing_spec f (rev v)) as Hd. destruct (drop_failing f (rev v)) as [[|y r] no].
    + destruct Hd as (Hd & Hf & _). rewrite app_nil_r in Hd. split_and!; [|done|].
      * cbn. by rewrite <- Hd, rev_involutive.
      * constructor; [done|]. by apply Forall_rev.
    + destruct Hd as (Hd & Hf & Hy). assert (Hv : v ≡ₚ y :: rev r ++ rev no).
      { rewrite <- (rev_involutive v), Hd, rev_app_distr. simpl. rewrite <- app_assoc.
        cbn. by rewrite <- Permutation_middle. }
      assert (Hlen : (length (rev r) <= fuel)%nat).
      { apply Permutation_length in Hv. simpl in Hv. rewrite length_app in Hv. lia. }
      specialize (IH (rev r) Hlen). destruct (partition_loop fuel f (rev r)) as [yes no']. destruct IH as (H1 & H2 & H3).
      split_and!.
      * rewrite Hv, <- H1. cbn. rewrite <- !app_assoc. rewrite (app_assoc yes no'). rewrite <- Permutation_middle.
        by rewrite perm_swap, <- app_assoc.
      * by constructor.
      * apply Forall_app. split; [done|]. constructor; [done|]. by apply Forall_rev.
Qed.

(** The seeders are closed, and they only. *)
Theorem erase_seeders_ok (now : Z) (w : ConnectionList) :
  connections_ok w ->
  exists w', erase_seeders now w = Ok w' /\ connections_ok w' /\
    conns w' ≡ₚ List.filter (is_not_seeder w) (conns w).
Proof.
  intros Hw. unfold erase_seeders, partition.
  pose proof (partition_loop_spec (length (conns w)) (is_not_seeder w) (conns w) ltac:(lia)) as Hs.
  destruct (partition_loop _ _ _) as [yes no]. destruct Hs as (H1 & H2 & H3).
  assert (Hw1 : connections_ok (with_conns w (yes ++ no))).
  { destruct Hw as [A1 A2 A3 A4]. split; cbn; [done|by rewrite H1|intros c Hc; apply A3; by rewrite <- H1|].
    rewrite A4. unfold size, zlen. cbn. by rewrite (Permutation_length H1). }
  unfold erase_remaining.
  destruct (remaining_loop_ok (length (conns (with_conns w (yes ++ no))) - length yes) now (length yes)
    (Z.lor disconnect_unwanted disconnect_quick) _ Hw1) as (w' & E & G1 & G2 & _); [done|cbn; rewrite length_app; lia|].
  rewrite E. res_simpl. eexists. split; [done|]. split; [by apply change_accepting_ok|].
  cbn [change_accepting conns]. rewrite G2. cbn [with_conns conns]. rewrite take_app_length.
  assert (Hfy : List.filter (is_not_seeder w) yes = yes).
  { clear -H2. induction H2 as [|x l Hx _ IH]; [done|]. simpl. by rewrite Hx, IH. }
  assert (Hfn : List.filter (is_not_seeder w) no = []).
  { clear -H3. induction H3 as [|x l Hx _ IH]; [done|]. simpl. by rewrite Hx, IH. }
  assert (Hff : forall l k : list Z, l ≡ₚ k -> List.filter (is_not_seeder w) l ≡ₚ List.filter (is_not_seeder w) k).
  { clear. intros l k. induction 1 as [|x l k _ IH|x y l|l1 l2 l3 _ IH1 _ IH2]; simpl; [done| | |].
    - destruct (is_not_seeder w x); [by constructor|done].
    - destruct (is_not_seeder w x), (is_not_seeder w y); [constructor|done..].
    - by rewrite IH1. }
  rewrite <- (Hff _ _ H1), List.filter_app, Hfy, Hfn. by rewrite app_nil_r.
Qed.

(** ** Searching and the queue of disconnects *)
Lemma conn_peer_ok w c : connections_ok w -> c ∈ conns w ->
  exists i, conn_peer w c = Ok i /\ is_inet (m_address i) /\ m_connection i = Some c.
Proof.
  intros Hw Hc. destruct (co_conn w Hw c Hc) as (k & i & Hk & Hi & Hic & _). exists i.
  unfold conn_peer, peer. rewrite Hk. res_simpl. rewrite Hi. split_and!; try done.
  destruct (co_peers w Hw) as [_ _ P3 P4 _].
  pose proof (P4 (c_peer k) ltac:(by rewrite Hi)) as ([q p] & Hq & He)%list_elem_of_fmap. cbn in Hq. subst p.
  destruct (P3 q _ He) as (j & Hj & ? & _). rewrite Hi in Hj. by injection Hj as <-.
Qed.

Lemma find_id_ok id w v : connections_ok w -> v ⊆ conns w ->
  exists n, find_peer (fun i => Ok (bool_decide (id = m_id i))) w v = Ok n /\ (n <= length v)%nat /\
    (forall c, v !! n = Some c -> exists i, conn_peer w c = Ok i /\ m_id i = id) /\
    (n = length v -> forall c i, c ∈ v -> conn_peer w c = Ok i -> m_id i <> id).
Proof.
  intros Hw. induction v as [|c v IH]; intros Hv; cbn [find_peer].
  - exists 0%nat. split_and!; [done|done|done|]. intros _ c i Hc. by apply elem_of_nil in Hc.
  - destruct (conn_peer_ok w c Hw) as (i & Hi & _); [apply Hv; left|]. rewrite Hi. res_simpl. case_bool_decide as He.
    + exists 0%nat. split_and!; [done|simpl; lia| |simpl; lia]. intros d [= ->]. by exists i.
    + destruct IH as (n & -> & Hn & H1 & H2); [intros d Hd; apply Hv; by right|]. res_simpl. exists (S n).
      split_and!; [done|simpl; lia|done|]. intros [= Hl] d j [->|Hd]%elem_of_cons Hj; [|by apply (H2 Hl d)].
      rewrite Hi in Hj. by injection Hj as <-.
Qed.

(** Connections other than the one taken out keep their peers. *)
Lemma erase_keeps_others now pos flags w w' c d : connections_ok w -> conns w !! pos = Some c ->
  flag_set flags disconnect_delayed = false -> erase now pos flags w = Ok w' -> d ∈ conns w' ->
  conn_peer w' d = conn_peer w d.
Proof.
  intros Hw Hc Hf E Hd. destruct (erase_now_ok now pos flags w c Hw Hc Hf) as
    (w1 & E1 & G1 & G2 & _ & _ & _ & G3 & _ & k & i & G5 & _ & _ & _ & _ & G9).
  rewrite E1 in E. injection E as ->. assert (Hd' : d ∈ conns w) by (rewrite G2; by right).
  assert (Hdc : d <> c).
  { intros ->. pose proof (co_unique w Hw) as Hn. rewrite G2 in Hn. by apply NoDup_cons in Hn as [? _]. }
  unfold conn_peer. rewrite G3, lookup_delete_ne by done.
  destruct (co_conn w Hw d Hd') as (kd & id & Hkd & Hid & Hidc & _). rewrite Hkd. res_simpl.
  unfold peer. rewrite G9; [done|]. intros Heq.
  destruct (co_conn w Hw c) as (kc & ic & Hkc & Hic & Hicc & _); [eapply list_elem_of_lookup_2; exact Hc|].
  rewrite G5 in Hkc. injection Hkc as <-. congruence.
Qed.

(** The connections of a list whose peer has an identifier. *)
Definition has_id (w : ConnectionList) (id : list Z) (c : Z) : bool :=
  match conn_peer w c with Ok i => bool_decide (m_id i = id) | _ => false end.
Definition holders (w : ConnectionList) (id : list Z) : list Z := List.filter (has_id w id) (conns w).
(** How often an identifier is in the queue. *)
Definition times_queued (id : list Z) (q : list (list Z)) : nat := length (List.filter (fun x => bool_decide (x = id)) q).
Definition id_in (q : list (list Z)) (w : ConnectionList) (c : Z) : Prop :=
  exists i, conn_peer w c = Ok i /\ m_id i ∈ q.

Lemma has_id_true w id c : has_id w id c = true <-> exists i, conn_peer w c = Ok i /\ m_id i = id.
Proof.
  unfold has_id. split.
  - destruct (conn_peer w c) as [i| | ]; try done. intros ?%bool_decide_eq_true. by exists i.
  - intros (i & -> & Hi). by rewrite bool_decide_eq_true_2.
Qed.

Lemma filter_length_perm {A} (f : A -> bool) l k : l ≡ₚ k -> length (List.filter f l) = length (List.filter f k).
Proof. induction 1 as [|x l k _ IH|x y l|l1 l2 l3 _ IH1 _ IH2]; simpl; repeat case_match; simpl in *; congruence. Qed.

Lemma filter_length_ext {A} (f g : A -> bool) l : (forall x, x ∈ l -> f x = g x) -> List.filter f l = List.filter g l.
Proof.
  induction l as [|x l IH]; intros Hx; [done|]. simpl. rewrite (Hx x) by left. rewrite IH; [done|].
  intros y Hy. apply Hx. by right.
Qed.

(** Taking one connection out takes it from the holders of its identifier. *)
Lemma holders_without w w1 c : conns w ≡ₚ c :: conns w1 ->
  (forall d, d ∈ conns w1 -> conn_peer w1 d = conn_peer w d) -> forall id,
  length (holders w id) = ((if has_id w id c then 1 else 0) + length (holders w1 id))%nat.
Proof.
  intros Hp Hk id. unfold holders. rewrite (filter_length_perm _ _ _ Hp). simpl.
  rewrite (filter_length_ext (has_id w1 id) (has_id w id)); [by destruct (has_id w id c)|].
  intros d Hd. unfold has_id. by rewrite Hk.
Qed.

(** What closing the queued identifiers one after the other does: no other
    connection goes, and of the holders of an identifier go as many as it was
    queued for, or all of them. *)
Record closes (q : list (list Z)) (w w' : ConnectionList) : Prop := {
  cl_ok : connections_ok w';
  cl_sub : conns w' ⊆ conns w;
  cl_peer : forall c, c ∈ conns w' -> conn_peer w' c = conn_peer w c;
  cl_kept : forall c, c ∈ conns w -> ~ id_in q w c -> c ∈ conns w';
  cl_count : forall id, length (holders w' id) = (length (holders w id) - times_queued id q)%nat
}.

Lemma closes_none id q w w' : holders w id = [] -> closes q w w' -> closes (id :: q) w w'.
Proof.
  intros Hn [A1 A2 A3 A4 A5]. split; try done.
  - intros c Hc Hni. apply A4; [done|]. intros (i & Hi & Hin). apply Hni. exists i. split; [done|by right].
  - intros id'. rewrite A5. unfold times_queued. simpl. case_bool_decide as He; [|done]. subst id'. rewrite Hn. simpl. lia.
Qed.

Lemma closes_one id q w w1 w' c : connections_ok w -> conns w ≡ₚ c :: conns w1 ->
  (forall d, d ∈ conns w1 -> conn_peer w1 d = conn_peer w d) -> has_id w id c = true ->
  closes q w1 w' -> closes (id :: q) w w'.
Proof.
  intros Hw Hp Hk Hid [A1 A2 A3 A4 A5].
  assert (Hsub : forall d, d ∈ conns w1 -> d ∈ conns w) by (intros d Hin; rewrite Hp; by right).
  apply has_id_true in Hid as (i0 & Hi0 & Hid). split; [done| | | |].
  - intros d Hd. by apply Hsub, A2.
  - intros d Hd. rewrite A3 by done. by apply Hk, A2.
  - intros d Hd Hni. rewrite Hp in Hd. apply elem_of_cons in Hd as [->|Hd].
    + exfalso. apply Hni. exists i0. split; [done|]. rewrite Hid. left.
    + apply A4; [done|]. intros (i & Hi & Hin). apply Hni. exists i. rewrite <- Hk by done. split; [done|by right].
  - intros id'. rewrite A5, (holders_without w w1 c Hp Hk id'). unfold times_queued, has_id. rewrite Hi0. simpl.
    rewrite Hid. case_bool_decide; simpl; lia.
Qed.

Lemma queued_loop_ok now q w : connections_ok w -> exists w', queued_loop now q w = Ok w' /\ closes q w w'.
Proof.
  revert w. induction q as [|id q IH]; intros w Hw; cbn [queued_loop].
  { exists w. split; [done|]. split; try done. intros id. unfold times_queued. simpl. lia. }
  destruct (find_id_ok id w (conns w) Hw) as (n & E & Hn & H1 & H2); [done|]. unfold find_id. rewrite E. res_simpl.
  case_bool_decide as He.
  - res_simpl. destruct (IH w Hw) as (w' & E' & G). exists w'. split; [done|]. apply closes_none; [|done].
    unfold holders. destruct (List.filter (has_id w id) (conns w)) as [|c l] eqn:Hl; [done|]. exfalso.
    assert (Hc : In c (List.filter (has_id w id) (conns w))) by (rewrite Hl; by left).
    apply filter_In in Hc as [Hc (i & Hi & Hid)%has_id_true]. apply list_elem_of_In in Hc. by apply (H2 He c i).
  - destruct (lookup_lt_is_Some_2 (conns w) n ltac:(lia)) as [c0 Hc0].
    destruct (erase_now_ok now n 0 w c0 Hw Hc0 eq_refl) as (w1 & E1 & G1 & G2 & _). rewrite E1. res_simpl.
    destruct (IH w1 G1) as (w' & E' & G). exists w'. split; [done|].
    apply (closes_one id q w w1 w' c0); try done; [|by apply has_id_true, H1].
    intros d Hin. by apply (erase_keeps_others now n 0 w w1 c0 d Hw Hc0 eq_refl E1).
Qed.

Lemma holders_one w id c : connections_ok w -> c ∈ conns w -> has_id w id c = true ->
  (forall d, d ∈ conns w -> has_id w id d = true -> d = c) -> length (holders w id) = 1%nat.
Proof.
  intros Hw Hc Hid Hone. assert (Hnd : NoDup (holders w id)) by (apply NoDup_ListNoDup, List.NoDup_filter, NoDup_ListNoDup, Hw).
  assert (Hall : forall d, d ∈ holders w id -> d = c).
  { intros d [Hd Hdi]%list_elem_of_In%filter_In. apply Hone; [by apply list_elem_of_In|done]. }
  assert (Hin : c ∈ holders w id) by (apply list_elem_of_In, filter_In; split; [by apply list_elem_of_In|done]).
  destruct (holders w id) as [|a [|b l]]; [by apply elem_of_nil in Hin|done|]. exfalso.
  apply NoDup_cons in Hnd as [Hna _]. apply Hna. rewrite (Hall a), (Hall b); [left|right; left|left].
Qed.

(** C9: Working off the queue of delayed disconnects returns with the list
    consistent with its peers and the queue empty.  A connection whose peer's
    identifier was not in the queue stays; of those with an identifier as many
    are closed as it was queued for (all, if they are fewer).  So a connection
    that shares its identifier with no other is closed exactly when it was
    queued; between several with one identifier, which remote peers may choose,
    the queue does not tell which one was meant. *)
Theorem disconnect_queued_exact (now : Z) (w : ConnectionList) :
  connections_ok w ->
  exists w', disconnect_queued now w = Ok w' /\ connections_ok w' /\ m_disconnectQueue w' = [] /\
    conns w' ⊆ conns w /\
    (forall c, c ∈ conns w -> ~ id_in (m_disconnectQueue w) w c -> c ∈ conns w') /\
    (forall id, length (holders w' id) = (length (holders w id) - times_queued id (m_disconnectQueue w))%nat) /\
    (forall c i, c ∈ conns w -> conn_peer w c = Ok i ->
      (forall d, d ∈ conns w -> has_id w (m_id i) d = true -> d = c) ->
      c ∈ conns w' <-> m_id i ∉ m_disconnectQueue w).
Proof.
  intros Hw. unfold disconnect_queued. destruct (queued_loop_ok now (m_disconnectQueue w) w Hw) as (w' & E & G).
  rewrite E. res_simpl. eexists. split; [done|]. destruct G as [G1 G2 G3 G4 G5].
  split; [destruct G1 as [A1 A2 A3 A4]; by split|]. split_and!; try done. intros c i Hc Hi Hone. cbn [with_queue conns]. split.
  - intros Hc' Hq. assert (Hid : has_id w (m_id i) c = true) by (apply has_id_true; by exists i).
    specialize (G5 (m_id i)). rewrite (holders_one w _ c) in G5 by done.
    assert (Ht : (1 <= times_queued (m_id i) (m_disconnectQueue w))%nat).
    { unfold times_queued. apply list_elem_of_In in Hq.
      assert (Hf : In (m_id i) (List.filter (fun x => bool_decide (x = m_id i)) (m_disconnectQueue w))).
      { apply filter_In. split; [done|]. by apply bool_decide_eq_true_2. }
      destruct (List.filter _ _); [done|simpl; lia]. }
    assert (Hin : In c (holders w' (m_id i))).
    { apply filter_In. split; [by apply list_elem_of_In|]. apply has_id_true. exists i. by rewrite G3. }
    destruct (holders w' (m_id i)); [done|simpl in G5; lia].
  - intros Hnq. apply G4; [done|]. intros (j & Hj & Hin). rewrite Hi in Hj. by injection Hj as <-.
Qed.

(** ** Addresses already connected to *)
Lemma set_difference_bytes fuel l k : (length l + length k < fuel)%nat -> Forall is_inet l -> Forall is_inet k ->
  StronglySorted bytes_lt (sa_bytes <$> l) -> StronglySorted bytes_le (sa_bytes <$> k) ->
  exists r, AvailableList.set_difference sa_less fuel l k = Ok r /\ sublist r l /\
    forall a, a ∈ l -> (a ∈ r <-> sa_bytes a ∉ sa_bytes <$> k).
Proof.
  revert l k. induction fuel as [|fuel IH]; intros l k Hf Hl Hk Sl Sk; [lia|]. cbn [AvailableList.set_difference].
  destruct l as [|a l]; [exists []; split_and!; [done|done|intros a Ha; by apply elem_of_nil in Ha]|].
  destruct k as [|b k].
  { exists (a :: l). split_and!; [done|done|]. intros x Hx. split; [intros _ Hb; by apply elem_of_nil in Hb|done]. }
  pose proof Hl as [Ha Hl']%Forall_cons. pose proof Hk as [Hb Hk']%Forall_cons.
  rewrite fmap_cons in Sl, Sk. pose proof (StronglySorted_inv Sl) as [Sl' Fl]. pose proof (StronglySorted_inv Sk) as [Sk' Fk].
  rewrite Forall_forall in Fl, Fk. rewrite (sa_less_bytes a b), (sa_less_bytes b a) by done. res_simpl.
  destruct (str_lt (sa_bytes a) (sa_bytes b)) eqn:E1; res_simpl; [|destruct (str_lt (sa_bytes b) (sa_bytes a)) eqn:E2].
  - destruct (IH l (b :: k)) as (r & E & Hs & Hr); [simpl in *; lia|done|done|done|done|]. rewrite E. res_simpl.
    exists (a :: r). split_and!; [done|by constructor|]. intros x [->|Hx]%elem_of_cons.
    + split; [|left]. intros _ Hin. rewrite fmap_cons in Hin. apply elem_of_cons in Hin as [He|Hin].
      * rewrite He, str_lt_irrefl in E1. done.
      * specialize (Fk _ Hin). unfold bytes_le in Fk. congruence.
    + assert (Hne : x <> a).
      { intros ->. specialize (Fl (sa_bytes a)). unfold bytes_lt in Fl. rewrite str_lt_irrefl in Fl. 
        assert (false = true); [|done]. apply Fl. by apply (list_elem_of_fmap_2 sa_bytes). }
      rewrite <- (Hr x Hx). split; [by intros [?|?]%elem_of_cons|by right].
  - destruct (IH (a :: l) k) as (r & E & Hs & Hr); [simpl in *; lia|done|done|done|done|]. rewrite E.
    exists r. split_and!; [done|done|]. intros x Hx. rewrite (Hr x Hx), fmap_cons, not_elem_of_cons.
    assert (Hxb : sa_bytes x <> sa_bytes b).
    { intros He. apply elem_of_cons in Hx as [->|Hx]; [rewrite He, str_lt_irrefl in E2; done|].
      assert (Hlt : bytes_lt (sa_bytes a) (sa_bytes x)) by (apply Fl; by apply (list_elem_of_fmap_2 sa_bytes)).
      unfold bytes_lt in Hlt. rewrite He in Hlt. congruence. }
    naive_solver.
  - assert (Heq : sa_bytes a = sa_bytes b).
    { destruct (decide (sa_bytes a = sa_bytes b)) as [|Hne]; [done|]. pose proof (str_lt_total _ _ Hne E1). congruence. }
    destruct (IH l k) as (r & E & Hs & Hr); [simpl in *; lia|done|done|done|done|]. rewrite E.
    exists r. split_and!; [done|by constructor|]. intros x [->|Hx]%elem_of_cons.
    + split; [|rewrite Heq, fmap_cons, not_elem_of_cons; tauto]. intros Hin. exfalso.
      apply (elem_of_sublist r l) in Hin; [|done]. specialize (Fl (sa_bytes a)). unfold bytes_lt in Fl.
      rewrite str_lt_irrefl in Fl. assert (false = true); [|done]. apply Fl. by apply (list_elem_of_fmap_2 sa_bytes).
    + assert (Hxb : sa_bytes x <> sa_bytes b).
      { intros He. assert (Hlt : bytes_lt (sa_bytes a) (sa_bytes x)) by (apply Fl; by apply (list_elem_of_fmap_2 sa_bytes)).
        unfold bytes_lt in Hlt. rewrite He, Heq, str_lt_irrefl in Hlt. done. }
      rewrite (Hr x Hx), fmap_cons, not_elem_of_cons. naive_solver.
Qed.

#[local] Instance conn_le_total : Total conn_le.
Proof. intros a b. unfold conn_le. apply sa_le_total. Qed.

Lemma peer_addresses_ok w v : connections_ok w -> v ⊆ conns w ->
  exists r, peer_addresses w v = Ok r /\ fst <$> r = v /\
    Forall (fun e => is_inet (snd e) /\ exists i, conn_peer w (fst e) = Ok i /\ m_address i = snd e) r.
Proof.
  intros Hw. induction v as [|c v IH]; intros Hv; cbn [peer_addresses]; [by exists []|].
  destruct (conn_peer_ok w c Hw) as (i & Hi & Hin & _); [apply Hv; left|]. rewrite Hi. res_simpl.
  destruct IH as (r & -> & Hr & Hf); [intros d Hd; apply Hv; by right|]. res_simpl.
  exists ((c, m_address i) :: r). split_and!; [done|cbn; by rewrite Hr|]. constructor; [|done]. split; [done|]. by exists i.
Qed.

Lemma sorted_snd v : Sorted conn_le v -> Sorted sa_le (snd <$> v).
Proof.
  induction 1 as [|e v Hs IH Hh]; [constructor|]. rewrite fmap_cons. constructor; [done|].
  destruct Hh; constructor. done.
Qed.

(** Of addresses in order those remain that are not connected to; the
    connections are put in order of their addresses. *)
Theorem set_difference_exact (l : AddressList) (w : ConnectionList) :
  connections_ok w -> Forall is_inet l -> StronglySorted (fun a b => sa_less a b = Ok true) l ->
  exists r w', set_difference l w = Ok (r, w') /\ connections_ok w' /\ conns w' ≡ₚ conns w /\ sublist r l /\
    forall a, a ∈ l -> (a ∈ r <->
      forall c i, c ∈ conns w -> conn_peer w c = Ok i -> sa_equal (m_address i) a <> Ok true).
Proof.
  intros Hw Hl Hs. unfold set_difference. destruct (peer_addresses_ok w (conns w) Hw) as (v & E & Hf & Hv); [done|].
  rewrite E. res_simpl. rewrite (proj2 (forallb_forall _ v)).
  2:{ intros e He%list_elem_of_In. rewrite Forall_forall in Hv. destruct (Hv e He) as [Hi _]. by destruct (snd e). }
  rewrite andb_false_r. res_simpl. pose proof (merge_sort_Permutation conn_le v) as Hp.
  assert (Hss : StronglySorted bytes_lt (sa_bytes <$> l)).
  { clear -Hl Hs. induction Hs as [|a l Hs IH Hh]; [constructor|]. apply Forall_cons in Hl as [Ha Hl].
    rewrite fmap_cons. constructor; [by apply IH|]. apply Forall_forall. intros x (b & -> & Hb)%list_elem_of_fmap.
    rewrite Forall_forall in Hh, Hl. specialize (Hh b Hb). specialize (Hl b Hb). rewrite sa_less_bytes in Hh by done.
    by injection Hh. }
  assert (Hki : Forall is_inet (snd <$> merge_sort conn_le v)).
  { apply Forall_fmap. rewrite Hp. eapply Forall_impl; [exact Hv|]. by intros e [? _]. }
  destruct (set_difference_bytes (S (length l + length (merge_sort conn_le v))) l (snd <$> merge_sort conn_le v)) as
    (r & Er & Hr & Hx); [rewrite length_fmap; lia|done|done|done| |].
  { apply sorted_bytes; [done|]. apply sorted_snd, Sorted_merge_sort, _. }
  rewrite Er. res_simpl. exists r. eexists. split; [done|].
  assert (Hc : fst <$> merge_sort conn_le v ≡ₚ conns w) by (rewrite Hp; by rewrite Hf).
  split_and!; [|done|done|].
  - destruct Hw as [A1 A2 A3 A4]. split; cbn; [done|by rewrite Hc|intros c; rewrite Hc; apply A3|].
    rewrite A4. unfold size, zlen. cbn. by rewrite (Permutation_length Hc).
  - intros a Ha. rewrite (Hx a Ha). rewrite Forall_forall in Hl. specialize (Hl a Ha). split.
    + intros Hnot c i Hin Hi He. apply Hnot. rewrite <- Hf in Hin. apply list_elem_of_fmap in Hin as (e & -> & He').
      rewrite Forall_forall in Hv. destruct (Hv e He') as (Hei & j & Hj & Hja). rewrite Hi in Hj. injection Hj as <-.
      rewrite Hja, sa_equal_bytes in He by done. injection He as He%bool_decide_eq_true. rewrite <- He.
      apply (list_elem_of_fmap_2 sa_bytes), (list_elem_of_fmap_2 snd). by rewrite Hp.
    + intros Hno (b & Hb & Hin)%list_elem_of_fmap. apply list_elem_of_fmap in Hin as (e & -> & He).
      rewrite Hp in He. rewrite Forall_forall in Hv. destruct (Hv e He) as (Hei & j & Hj & Hja).
      apply (Hno (fst e) j); [rewrite <- Hf; by apply list_elem_of_fmap_2|done|].
      rewrite Hja, sa_equal_bytes by done. rewrite Hb. by rewrite bool_decide_eq_true_2.
Qed.

End facts.

(** ** Concrete lists *)
Section Witnesses.
#[local] Instance this_machine : ByteOrder := true.

(** One peer, which is connected, and its connection. *)
Definition one_connection : ConnectionList :=
  mkConnections [1] 50 100 [] true {[1 := mkConn 7 5 true]}
    (with_peer one_peer 7 (set_connection (set_flags (new_peer_info (peer_address 6881)) flag_connected) (Some 1))) [].

Lemma one_connection_ok : connections_ok one_connection.
Proof.
  split.
  - apply (with_peer_ok one_peer 7 (set_flags (new_peer_info (peer_address 6881)) flag_connected));
      [apply one_peer_ok|reflexivity|apply peer_address_ok|reflexivity].
  - apply NoDup_singleton.
  - intros c ->%list_elem_of_singleton. eexists. eexists. split_and!; reflexivity.
  - reflexivity.
Qed.

Lemma erase_frees_connection_witness :
  exists w', erase 1000 0 0 one_connection = Ok w' /\ store w' !! 1 = None.
Proof.
  destruct (erase_frees_connection 1000 0 0 one_connection 1 one_connection_ok eq_refl eq_refl) as (w' & E & _ & _ & H & _).
  by exists w'.
Defined.

Lemma erase_remaining_ok_witness :
  exists w', erase_remaining 1000 0 0 one_connection = Ok w' /\ conns w' = [].
Proof.
  destruct (erase_remaining_ok 1000 0 0 one_connection one_connection_ok ltac:(simpl; lia) eq_refl) as (w' & E & _ & H & _).
  by exists w'.
Defined.

Lemma disconnect_queued_exact_witness :
  exists w', disconnect_queued 1000 (with_queue one_connection [replicate 20 0]) = Ok w' /\ 1 ∉ conns w'.
Proof.
  destruct (disconnect_queued_exact 1000 (with_queue one_connection [replicate 20 0])) as (w' & E & _ & _ & _ & _ & _ & H).
  - destruct one_connection_ok as [A1 A2 A3 A4]. by split.
  - exists w'. split; [exact E|]. rewrite (H 1); [|left|reflexivity|by intros d ->%list_elem_of_singleton].
    intros Hno. apply Hno. left.
Defined.

(** Two connections whose peers give the same identifier: the second is to be
    disconnected later, and the first is closed in its place. *)
Definition two_connections : ConnectionList :=
  mkConnections [1; 2] 50 100 [] true {[1 := mkConn 7 5 true; 2 := mkConn 8 6 false]}
    (with_peer (with_peer one_peer 7 (set_connection (set_flags (new_peer_info (peer_address 6881)) flag_connected) (Some 1)))
      8 (set_connection (set_flags (new_peer_info (peer_address 6882)) flag_connected) (Some 2))) [].

Example wrong_connection_closed :
  (match w ← erase 1000 1 disconnect_delayed two_connections; disconnect_queued 1001 w with
   | Ok w => conns w = [2]
   | _ => False
   end).
Proof. vm_compute. done. Qed.

(** A connection that refuses leaves its address in the peer, which counts as
    connected from then on. *)
Example refused_connection_remembered :
  (match insert 1000 2 7 5 true false true (mkConnections [] 50 100 [] true ∅ one_peer []) with
   | Ok (None, w') => m_connection <$> peers (peer_list w') !! 7 = Some (Some 2) /\ store w' !! 2 = None
   | _ => False
   end).
Proof. vm_compute. done. Qed.

(** The flag for a delayed disconnect is the peer list's flag for the time. *)
Example flags_differ : disconnect_delayed = PeerList.disconnect_set_time.
Proof. reflexivity. Qed.

End Witnesses.

End ConnectionList.
