(* ===== verification/Extensions.v ===== *)
(** * Protocol extensions (src/protocol/extensions.h, extensions.cc, src/download/download_main.cc)

    Module [Extensions]: what a connection knows of the other side's
    extensions, the messages it writes, and the messages it reads: the
    extension handshake, the exchange of peers and that of the metadata.  The
    bytes of a message come in pieces into a buffer of the announced length.
    Of the download the model has what the messages read and change. *)

From Stdlib Require Import Strings.String.
From S2P Require Import Prelude Object Bencode BencodeWrite StaticMap ProtocolBase SocketAddress Encryption Utils PeerList.

Module Extensions.
Import Object BencodeWrite StaticMap SocketAddress PeerInfo PeerList EncryptionPolicy.

(** ** State *)

Definition HANDSHAKE : Z := 0.
Definition UT_PEX : Z := 1.
Definition UT_METADATA : Z := 2.
Definition FIRST_INVALID : Z := 3.
Definition SKIP_EXTENSION : Z := 4.

Definition flag_default : Z := Z.shiftl 1 0.
Definition flag_initial_handshake : Z := Z.shiftl 1 1.
Definition flag_initial_pex : Z := Z.shiftl 1 2.
Definition flag_received_ext : Z := Z.shiftl 1 3.
Definition flag_local_enabled_base : Z := Z.shiftl 1 8.
Definition flag_remote_supported_base : Z := Z.shiftl 1 16.

Definition metadata_piece_shift : Z := 14.
Definition metadata_piece_size : Z := Z.shiftl 1 metadata_piece_shift.
Definition max_request_queue_size : Z := 2048.

(** [m_read] is the size of the buffer and the bytes in it; [has_connection]
    is whether the connection is set. *)
Record ProtocolExtension := mkExtension {
  m_idMap : list Z;
  m_maxQueueLength : Z;
  e_flags : Z;
  has_connection : bool;
  m_readType : Z;
  m_readLeft : Z;
  m_read : option (Z * bytes);
  m_pendingType : Z;
  m_pending : option bytes
}.

(** The parts of the download; [x_info] is the "info" dictionary. *)
Record ExtDownload := mkExtDownload {
  x_meta : bool;
  x_metadata_size : Z;
  x_size_pex : Z;
  x_file_size : Z;
  x_info : Object;
  x_peers : PeerList
}.

Definition with_e_flags (e : ProtocolExtension) (f : Z) : ProtocolExtension :=
  mkExtension (m_idMap e) (m_maxQueueLength e) f (has_connection e) (m_readType e) (m_readLeft e) (m_read e)
    (m_pendingType e) (m_pending e).
Definition with_ids (e : ProtocolExtension) (m : list Z) : ProtocolExtension :=
  mkExtension m (m_maxQueueLength e) (e_flags e) (has_connection e) (m_readType e) (m_readLeft e) (m_read e)
    (m_pendingType e) (m_pending e).
Definition with_queue_length (e : ProtocolExtension) (n : Z) : ProtocolExtension :=
  mkExtension (m_idMap e) n (e_flags e) (has_connection e) (m_readType e) (m_readLeft e) (m_read e)
    (m_pendingType e) (m_pending e).
Definition with_reading (e : ProtocolExtension) (ty left : Z) (r : option (Z * bytes)) : ProtocolExtension :=
  mkExtension (m_idMap e) (m_maxQueueLength e) (e_flags e) (has_connection e) ty left r (m_pendingType e) (m_pending e).
Definition with_pending (e : ProtocolExtension) (ty : Z) (m : option bytes) : ProtocolExtension :=
  mkExtension (m_idMap e) (m_maxQueueLength e) (e_flags e) (has_connection e) (m_readType e) (m_readLeft e) (m_read e) ty m.

Definition with_metadata_size (x : ExtDownload) (n : Z) : ExtDownload :=
  mkExtDownload (x_meta x) n (x_size_pex x) (x_file_size x) (x_info x) (x_peers x).
Definition with_size_pex (x : ExtDownload) (n : Z) : ExtDownload :=
  mkExtDownload (x_meta x) (x_metadata_size x) (u32 n) (x_file_size x) (x_info x) (x_peers x).
Definition with_file_size (x : ExtDownload) (n : Z) : ExtDownload :=
  mkExtDownload (x_meta x) (x_metadata_size x) (x_size_pex x) n (x_info x) (x_peers x).
Definition with_x_peers (x : ExtDownload) (l : PeerList) : ExtDownload :=
  mkExtDownload (x_meta x) (x_metadata_size x) (x_size_pex x) (x_file_size x) (x_info x) l.

Definition has_e_flag (e : ProtocolExtension) (f : Z) : bool := negb (Z.land (e_flags e) f =? 0).
Definition is_local_enabled (e : ProtocolExtension) (t : Z) : bool := has_e_flag e (Z.shiftl flag_local_enabled_base t).
Definition is_remote_supported (e : ProtocolExtension) (t : Z) : bool :=
  has_e_flag e (Z.shiftl flag_remote_supported_base t).
Definition is_default (e : ProtocolExtension) : bool := has_e_flag e flag_default.
Definition is_initial_handshake (e : ProtocolExtension) : bool := has_e_flag e flag_initial_handshake.
Definition is_initial_pex (e : ProtocolExtension) : bool := has_e_flag e flag_initial_pex.
Definition is_received_ext (e : ProtocolExtension) : bool := has_e_flag e flag_received_ext.
Definition clear_initial_pex (e : ProtocolExtension) : ProtocolExtension :=
  with_e_flags e (Z.ldiff (e_flags e) flag_initial_pex).
Definition is_complete (e : ProtocolExtension) : bool := m_readLeft e =? 0.
Definition is_invalid (e : ProtocolExtension) : bool := m_readType e =? FIRST_INVALID.
Definition has_pending_message (e : ProtocolExtension) : bool := negb (m_pendingType e =? HANDSHAKE).
Definition pending_message_data (e : ProtocolExtension) : option bytes * ProtocolExtension :=
  (m_pending e, with_pending e (m_pendingType e) None).
Definition clear_pending_message (e : ProtocolExtension) : ProtocolExtension :=
  match m_pending e with None => with_pending e HANDSHAKE None | Some _ => e end.
Definition set_remote_supported (e : ProtocolExtension) (t : Z) : ProtocolExtension :=
  with_e_flags e (Z.lor (e_flags e) (Z.shiftl flag_remote_supported_base t)).

(** The constructor, in which no download is set, enables the metadata
    extension. *)
Definition new_extension : ProtocolExtension :=
  mkExtension [0; 0] 0
    (Z.lor (Z.lor (Z.lor flag_local_enabled_base flag_remote_supported_base) flag_initial_handshake)
       (Z.shiftl flag_local_enabled_base UT_METADATA))
    false FIRST_INVALID 0 None HANDSHAKE None.
Definition make_default : ProtocolExtension :=
  with_e_flags new_extension (Z.lor (e_flags new_extension) flag_default).

Definition id (e : ProtocolExtension) (t : Z) : res Z :=
  if t =? HANDSHAKE then Ok 0
  else _ ← throw_when (2 <=? t - 1) internal_error; of_deref (zlookup (m_idMap e) (t - 1)).

Definition set_local_enabled (t : Z) (e : ProtocolExtension) (x : ExtDownload) : ProtocolExtension * ExtDownload :=
  if is_local_enabled e t then (e, x)
  else (with_e_flags e (Z.lor (e_flags e) (Z.shiftl flag_local_enabled_base t)),
        if t =? UT_PEX then with_size_pex x (x_size_pex x + 1) else x).
Definition unset_local_enabled (t : Z) (e : ProtocolExtension) (x : ExtDownload) : ProtocolExtension * ExtDownload :=
  if negb (is_local_enabled e t) then (e, x)
  else (with_e_flags e (Z.ldiff (e_flags e) (Z.shiftl flag_local_enabled_base t)),
        if t =? UT_PEX then with_size_pex x (x_size_pex x - 1) else x).

Definition cleanup (e : ProtocolExtension) (x : ExtDownload) : ProtocolExtension * ExtDownload :=
  let '(e, x) := unset_local_enabled UT_PEX e x in unset_local_enabled UT_METADATA e x.

(** ** Messages to write *)

(** [vsnprintf] cuts the text at one byte less than the room it has; the
    length is that of the whole text. *)
Definition build_bencode (maxLength : Z) (text : bytes) : res bytes :=
  _ ← throw_when (maxLength <? zlen text) internal_error;
  Ok (if zlen text =? maxLength then take (Z.to_nat (maxLength - 1)) text ++ [0] else text).

(** [message_keys]. *)
Definition message_key (t : Z) : bytes :=
  if t =? HANDSHAKE then ascii_bytes "HANDSHAKE"
  else if t =? UT_PEX then ascii_bytes "ut_pex" else ascii_bytes "metadata_size".
Definition message_index (t : Z) : Z := if t =? UT_PEX then 2 else 1.

Definition generate_toggle_message (t : Z) (on : bool) : res bytes :=
  build_bencode 32 (ascii_bytes "d1:md" ++ Bencode.decimal (zlen (message_key t)) ++ [58] ++ message_key t ++ [105] ++
    Bencode.decimal (if on then t else 0) ++ ascii_bytes "eee").

(** Nothing when there is nothing to say; an element has six bytes. *)
Definition generate_ut_pex_message (added removed : list bytes) : res (option bytes) :=
  match added, removed with
  | [], [] => Ok None
  | _, _ =>
      let added_len := zlen added * 6 in
      let removed_len := zlen removed * 6 in
      let text := ascii_bytes "d5:added" ++ Bencode.decimal added_len ++ [58] ++ concat added ++
        ascii_bytes "7:dropped" ++ Bencode.decimal removed_len ++ [58] ++ concat removed ++ [101] in
      _ ← ub_when (32 + added_len + removed_len <? zlen text);
      Ok (Some text)
  end.

(** The entries in the order of the table; [modes] are the encryption modes of
    the configuration and [version] the name of the library. *)
Definition generate_handshake_message (modes : encryption_mode * encryption_mode) (listen_port : Z) (version : bytes)
    (e : ProtocolExtension) (x : ExtDownload) : res bytes :=
  policy ← new_policy (fst modes) (snd modes);
  let values :=
    [ (if allow_encrypted_handshake policy then TYPE_VALUE 0 (if require_encrypted_stream policy then 1 else 0)
       else TYPE_NONE 0);
      TYPE_VALUE 0 UT_METADATA;
      TYPE_VALUE 0 (if is_local_enabled e UT_PEX then UT_PEX else 0);
      (if x_meta x then TYPE_NONE 0 else TYPE_VALUE 0 (x_metadata_size x));
      TYPE_VALUE 0 listen_port;
      TYPE_VALUE 0 max_request_queue_size;
      TYPE_RAW_STRING 0 version ] in
  '(s, _) ← static_map_write_bencode_c_wrap object_write_to_buffer [] (0, 1024) values ext_handshake_keys;
  Ok s.

(** ** Messages to read *)

Definition read_start (type length : Z) (skip : bool) (e : ProtocolExtension) : res ProtocolExtension :=
  _ ← throw_when (is_default e || (FIRST_INVALID <=? type) || (Z.shiftl 1 15 <? length)) communication_error;
  _ ← throw_when (match m_read e with Some _ => true | None => false end) internal_error;
  Ok (with_reading e (if skip || negb (is_local_enabled e type) then SKIP_EXTENSION else type) length
        (Some (length, []))).

(** Bytes copied to [read_position()], and [read_move]. *)
Definition read_data (s : bytes) (e : ProtocolExtension) : res ProtocolExtension :=
  '(size, got) ← of_deref (m_read e);
  _ ← ub_when (size <? zlen got + zlen s);
  Ok (with_reading e (m_readType e) (u32 (m_readLeft e - zlen s)) (Some (size, got ++ s))).

Section reading.
Context `{ByteOrder}.
(** The allocator's policy for vectors, as in [Bencode]. *)
Variable reallocates : nat -> bool.

Definition message_value (values : list Object) (i : Z) : res Object := of_deref (zlookup values i).
Definition int_at (values : list Object) (i : Z) : res (option Z) :=
  o ← message_value values i; Ok (match o with TYPE_VALUE _ v => Some v | _ => None end).

(** When the peer enables the exchange of peers, the next message is a full one. *)
Definition peer_toggle_remote (type : Z) (active : bool) (e : ProtocolExtension) : ProtocolExtension :=
  if (type =? UT_PEX) && active then with_e_flags e (Z.lor (e_flags e) flag_initial_pex) else e.

(** One round of the loop over the types. *)
Definition parse_type (t : Z) (values : list Object) (e : ProtocolExtension) : res ProtocolExtension :=
  v ← int_at values (message_index t);
  match v with
  | None => Ok e
  | Some v =>
      let id := u8 v in
      let e := set_remote_supported e t in
      old ← of_deref (zlookup (m_idMap e) (t - 1));
      if id =? old then Ok e
      else
        let e := peer_toggle_remote t (negb (id =? 0)) e in
        Ok (with_ids e (<[Z.to_nat (t - 1) := id]> (m_idMap e)))
  end.

Definition drop_unsupported (t : Z) (e : ProtocolExtension) (x : ExtDownload) : ProtocolExtension * ExtDownload :=
  if is_remote_supported e t then (e, x) else unset_local_enabled t e x.

(** [DownloadMain::set_metadata_size]; of the file list only its size is
    here. *)
Definition set_metadata_size (size : Z) (x : ExtDownload) : res ExtDownload :=
  x ← (if x_meta x then
         _ ← throw_when ((size =? 0) || (Z.shiftl 1 26 <? size)) communication_error;
         if x_file_size x <? 2 then Ok (with_file_size x size)
         else _ ← throw_when (negb (size =? x_file_size x)) communication_error; Ok x
       else
         _ ← throw_when (negb (x_metadata_size x =? 0) && negb (x_metadata_size x =? size)) communication_error;
         Ok x);
  Ok (with_metadata_size x size).

(** What the handshake message sets, once it is read; [p] is the peer. *)
Definition apply_handshake (p : Z) (values : list Object) (e : ProtocolExtension) (x : ExtDownload)
    : res (ProtocolExtension * ExtDownload) :=
  e ← parse_type UT_PEX values e;
  e ← parse_type UT_METADATA values e;
  let '(e, x) := if is_initial_handshake e then
                   let '(e, x) := drop_unsupported UT_PEX e x in drop_unsupported UT_METADATA e x
                 else (e, x) in
  port ← int_at values 4;
  x ← (match port with
       | Some port =>
           if 0 <? u16 port then
             l ← update_peer p (fun i => set_listen_port i (u16 port)) (x_peers x); Ok (with_x_peers x l)
           else Ok x
       | None => Ok x
       end);
  reqq ← int_at values 5;
  let e := match reqq with Some v => with_queue_length e (u32 v) | None => e end in
  size ← int_at values 3;
  x ← (match size with Some v => set_metadata_size (u64 v) x | None => Ok x end);
  Ok (with_e_flags e (Z.ldiff (e_flags e) flag_initial_handshake), x).

Definition empty_message (table : list static_map_mapping_type) : list Object := replicate (length table) (TYPE_NONE 0).

Definition parse_handshake (p : Z) (msg : bytes) (e : ProtocolExtension) (x : ExtDownload)
    : res (bool * ProtocolExtension * ExtDownload) :=
  '(values, _) ← static_map_read_bencode_c reallocates msg (empty_message ext_handshake_keys) ext_handshake_keys;
  '(e, x) ← apply_handshake p values e x;
  Ok (true, e, x).

Definition parse_ut_pex (now : Z) (msg : bytes) (e : ProtocolExtension) (x : ExtDownload)
    : res (bool * ProtocolExtension * ExtDownload) :=
  '(values, _) ← static_map_read_bencode_c reallocates msg (empty_message ext_pex_keys) ext_pex_keys;
  added ← message_value values 0;
  match added with
  | TYPE_RAW_STRING _ s => '(_, l) ← insert_pex_list now s (x_peers x); Ok (true, e, with_x_peers x l)
  | _ => Ok (true, e, x)
  end.

(** The text of a reply, cut to what the format writes. *)
Definition reject_text (piece : Z) : bytes :=
  ascii_bytes "d8:msg_typei2e5:piecei" ++ Bencode.decimal piece ++ ascii_bytes "ee".
Definition data_text (piece size : Z) : bytes :=
  ascii_bytes "d8:msg_typei1e5:piecei" ++ Bencode.decimal piece ++ ascii_bytes "e10:total_sizei" ++
  Bencode.decimal size ++ ascii_bytes "ee".

Definition piece_end (size : Z) : Z := Z.shiftr (u64 (size + metadata_piece_size - 1)) metadata_piece_shift.

(** The bytes of the dictionary that were not written may not be read. *)
Definition send_metadata_piece (piece : Z) (e : ProtocolExtension) (x : ExtDownload) : res ProtocolExtension :=
  let metadataSize := x_metadata_size x in
  let pieceEnd := piece_end metadataSize in
  if x_meta x || (pieceEnd <=? piece) then
    m ← build_bencode (8 + 36) (reject_text piece); Ok (with_pending e UT_METADATA (Some m))
  else
    '(buffer, _) ← object_write_bencode_c object_write_to_buffer [] (0, metadataSize) (x_info x) 0;
    let length := if piece =? pieceEnd - 1 then metadataSize mod metadata_piece_size else metadata_piece_size in
    let start := Z.shiftl piece metadata_piece_shift in
    m ← build_bencode (2 * 8 + length + 120) (data_text piece metadataSize);
    _ ← ub_when (2 * 8 + length + 120 <? zlen m + length);
    _ ← ub_when (zlen buffer <? start + length);
    Ok (with_pending e UT_METADATA (Some (m ++ take (Z.to_nat length) (drop (Z.to_nat start) buffer)))).

(** A piece of metadata, or a refusal, for the connection. *)
Inductive received :=
| metadata_piece (piece : Z) (data : bytes)
| metadata_rejected (piece : Z).

Definition value_or_error (values : list Object) (i : Z) : res Z :=
  v ← int_at values i; match v with Some v => Ok v | None => Throw bencode_error end.

Definition parse_ut_metadata (msg : bytes) (e : ProtocolExtension) (x : ExtDownload)
    : res (bool * ProtocolExtension * option received) :=
  '(values, dataStart) ← static_map_read_bencode_c reallocates msg (empty_message ext_metadata_keys) ext_metadata_keys;
  ty ← value_or_error values 0;
  if ty =? 0 then
    if has_pending_message e then Ok (false, e, None)
    else
      piece ← value_or_error values 1;
      e ← send_metadata_piece (u64 piece) e x;
      Ok (true, e, None)
  else if negb (has_connection e) then Ok (true, e, None)
  else if ty =? 1 then piece ← value_or_error values 1; Ok (true, e, Some (metadata_piece (u32 piece) dataStart))
  else if ty =? 2 then piece ← value_or_error values 1; Ok (true, e, Some (metadata_rejected (u32 piece)))
  else Ok (true, e, None).

(** The message by its type. *)
Definition dispatch (now p : Z) (msg : bytes) (e : ProtocolExtension) (x : ExtDownload)
    : res (bool * ProtocolExtension * ExtDownload * option received) :=
  if m_readType e =? SKIP_EXTENSION then Ok (true, e, x, None)
  else if m_readType e =? HANDSHAKE then '(b, e, x) ← parse_handshake p msg e x; Ok (b, e, x, None)
  else if m_readType e =? UT_PEX then '(b, e, x) ← parse_ut_pex now msg e x; Ok (b, e, x, None)
  else if m_readType e =? UT_METADATA then '(b, e, r) ← parse_ut_metadata msg e x; Ok (b, e, x, r)
  else Throw internal_error.

(** Malformed messages are ignored; nothing changes before their error. *)
Definition read_done (now p : Z) (e : ProtocolExtension) (x : ExtDownload)
    : res (bool * ProtocolExtension * ExtDownload * option received) :=
  let msg := match m_read e with Some (_, got) => got | None => [] end in
  '(b, e, x, r) ← (match dispatch now p msg e x with
                   | Throw bencode_error => Ok (true, e, x, None)
                   | other => other
                   end);
  let e := with_reading e FIRST_INVALID (m_readLeft e) None in
  Ok (b, with_e_flags e (Z.lor (e_flags e) flag_received_ext), x, r).

Definition request_metadata_piece (offset : Z) (e : ProtocolExtension) : res (bool * ProtocolExtension) :=
  _ ← throw_when (negb (offset mod metadata_piece_size =? 0)) internal_error;
  if has_pending_message e then Ok (false, e)
  else
    m ← build_bencode 40 (ascii_bytes "d8:msg_typei0e5:piecei" ++
          Bencode.decimal (Z.shiftr offset metadata_piece_shift) ++ ascii_bytes "ee");
    Ok (true, with_pending e UT_METADATA (Some m)).

End reading.

(** ** Any message is safe *)

Section facts.
Context `{ByteOrder}.
Variable reallocates : nat -> bool.

Lemma digits_length n v acc : (length (Bencode.digits n v acc) <= n + length acc)%nat.
Proof.
  revert v acc. induction n as [|n IH]; intros v acc; cbn [Bencode.digits]; [lia|].
  destruct (v =? 0); [lia|]. specialize (IH (v / 10) ((48 + v mod 10) :: acc)). simpl in IH. lia.
Qed.

Lemma decimal_length v : 0 <= v -> zlen (Bencode.decimal v) <= 20.
Proof.
  intros Hv. unfold Bencode.decimal, zlen. destruct (v =? 0); [simpl; lia|].
  rewrite (proj2 (Z.ltb_ge v 0)) by lia. pose proof (digits_length 20 v []) as Hl. change (length (@nil Z)) with 0%nat in Hl. lia.
Qed.

(** ** The handshake message fits *)

(** Its entries. *)
Definition handshake_values (crypt : option Z) (pex : Z) (size : option Z) (port : Z) (version : bytes) : list Object :=
  [ match crypt with Some v => TYPE_VALUE 0 v | None => TYPE_NONE 0 end; TYPE_VALUE 0 UT_METADATA; TYPE_VALUE 0 pex;
    match size with Some v => TYPE_VALUE 0 v | None => TYPE_NONE 0 end; TYPE_VALUE 0 port;
    TYPE_VALUE 0 max_request_queue_size; TYPE_RAW_STRING 0 version ].

Lemma value_length v : 0 <= v -> zlen (bencode 0 (TYPE_VALUE 0 v)) <= 22.
Proof.
  intros Hv. cbn [bencode]. pose proof (decimal_length v Hv) as Hd. unfold zlen in *. simpl. rewrite length_app. simpl. lia.
Qed.

Lemma handshake_values_written crypt pex size port version :
  match crypt with Some v => 0 <= v < 2 ^ 32 | None => True end -> 0 <= pex < 2 ^ 32 ->
  match size with Some v => 0 <= v < 2 ^ 32 | None => True end -> 0 <= port < 2 ^ 32 -> zlen version <= 100 ->
  exists m b, static_map_write_bencode_c_wrap object_write_to_buffer [] (0, 1024)
      (handshake_values crypt pex size port version) ext_handshake_keys = Ok (m, b) /\ zlen m <= 400.
Proof.
  intros Hc Hp Hs Hport Hv. set (values := handshake_values crypt pex size port version).
  assert (Hok : writes_ok ext_handshake_keys values).
  { split; [unfold ext_handshake_keys; repeat constructor; vm_compute; congruence|].
    pose proof (zlen_nonneg version). unfold values, handshake_values, UT_METADATA, max_request_queue_size.
    repeat constructor; [destruct crypt| |destruct size| |]; cbn [writable]; try done;
      rewrite ?andb_true_iff, ?Z.leb_le, ?Z.ltb_lt; lia. }
  assert (Hlen : forall l, zlen (text values l) = foldr (fun p n => zlen (part_text values p) + n) 0 l).
  { induction l as [|p l IH]; [done|]. cbn [foldr]. rewrite <- IH. unfold text. cbn [fmap list_fmap concat]. by rewrite Bencode.zlen_app. }
  assert (Hver : zlen (bencode 0 (TYPE_RAW_STRING 0 version)) <= 121).
  { cbn [bencode]. unfold Bencode.encode_string. rewrite Bencode.zlen_app. pose proof (decimal_length (zlen version)) as Hd.
    pose proof (zlen_nonneg version). specialize (Hd ltac:(lia)). unfold zlen in *. simpl. lia. }
  assert (Hbound : forall l, static_map_layout ext_handshake_keys (is_empty <$> values) = Ok l -> zlen (text values l) <= 400 ->
    exists m b, static_map_write_bencode_c_wrap object_write_to_buffer [] (0, 1024) values ext_handshake_keys = Ok (m, b) /\
      zlen m <= 400).
  { intros l El Hl. destruct (static_map_written 1024 ext_handshake_keys values l) as [b E]; try done; [lia|].
    exists (text values l), b. done. }
  pose proof (value_length pex ltac:(lia)) as L1. pose proof (value_length port ltac:(lia)) as L2.
  assert (L3 : forall v, 0 <= v < 2 ^ 32 -> zlen (bencode 0 (TYPE_VALUE 0 v)) <= 22) by (intros; apply value_length; lia).
  assert (Hz : forall i o, zlookup values i = Some o -> part_text values (Entry i) = bencode 0 o).
  { intros i o E. cbn [part_text]. by rewrite E. }
  pose proof (L3 UT_METADATA ltac:(done)) as L4. pose proof (L3 max_request_queue_size ltac:(done)) as L5.
  destruct crypt as [c|], size as [n|]; try pose proof (L3 c Hc) as L6; try pose proof (L3 n Hs) as L7;
    (eapply Hbound; [vm_compute; reflexivity|]); rewrite Hlen; cbn [foldr];
    rewrite ?(Hz 0 _ eq_refl), ?(Hz 1 _ eq_refl), ?(Hz 2 _ eq_refl), ?(Hz 3 _ eq_refl), ?(Hz 4 _ eq_refl), ?(Hz 5 _ eq_refl),
      ?(Hz 6 _ eq_refl); clear Hlen Hbound Hz Hok; cbn [part_text]; unfold zlen in *; cbn [length]; lia.
Qed.

(** With the settings and the download in their ranges the message is made. *)
Lemma handshake_message_ok modes port version e x policy : new_policy (fst modes) (snd modes) = Ok policy ->
  0 <= port < 2 ^ 32 -> 0 <= x_metadata_size x < 2 ^ 32 -> zlen version <= 100 ->
  exists m, generate_handshake_message modes port version e x = Ok m /\ zlen m <= 400.
Proof.
  intros Hp Hport Hx Hv. unfold generate_handshake_message. rewrite Hp. cbn [mbind res_bind].
  destruct (handshake_values_written
    (if allow_encrypted_handshake policy then Some (if require_encrypted_stream policy then 1 else 0) else None)
    (if is_local_enabled e UT_PEX then UT_PEX else 0) (if x_meta x then None else Some (x_metadata_size x)) port version)
    as (m & b & E & Hl); try done.
  - destruct (allow_encrypted_handshake policy); [|done]. destruct (require_encrypted_stream policy); lia.
  - destruct (is_local_enabled e UT_PEX); unfold UT_PEX; lia.
  - by destruct (x_meta x).
  - exists m. split; [|done]. unfold handshake_values in E.
    destruct (allow_encrypted_handshake policy), (x_meta x); by rewrite E.
Qed.

(** The state of an extension object between messages. *)
Definition ext_ok (e : ProtocolExtension) : Prop := length (m_idMap e) = 2%nat.

(** The download: its peer is there, and the dictionary of a download that is
    not a metadata download has the size that is announced. *)
Record side_ok (p : Z) (x : ExtDownload) : Prop := {
  sd_peers : list_ok (x_peers x);
  sd_peer : is_Some (peers (x_peers x) !! p);
  sd_size : 0 <= x_metadata_size x < 2 ^ 32;
  sd_info : x_meta x = false -> 0 < x_metadata_size x /\ exists s b,
    object_write_bencode_c object_write_to_buffer [] (0, x_metadata_size x) (x_info x) 0 = Ok (s, b) /\
    zlen s = x_metadata_size x
}.

Lemma build_bencode_ok n text : 0 < zlen text <= n -> exists m, build_bencode n text = Ok m /\ zlen m = zlen text.
Proof.
  intros Hl. unfold build_bencode. rewrite (proj2 (Z.ltb_ge n (zlen text))) by lia. res_simpl. eexists. split; [done|].
  destruct (zlen text =? n) eqn:E; [|done]. bool_prop. unfold zlen in *. rewrite length_app, length_take. simpl.
  lia.
Qed.

Lemma int_at_ok values i : 0 <= i < zlen values -> exists v, int_at values i = Ok v.
Proof.
  intros Hi. unfold int_at, message_value. destruct (zlookup_lt_is_Some values i Hi) as [o ->]. res_simpl. eauto.
Qed.

Lemma parse_type_ok t values e : ext_ok e -> zlen values = 7 -> (t = UT_PEX \/ t = UT_METADATA) ->
  exists e', parse_type t values e = Ok e' /\ ext_ok e'.
Proof.
  intros He Hv Ht. unfold parse_type. destruct (int_at_ok values (message_index t)) as [v ->].
  { rewrite Hv. destruct Ht as [-> | ->]; vm_compute; split; congruence. }
  res_simpl. destruct v as [v|]; [|by exists e].
  destruct (zlookup_lt_is_Some (m_idMap (set_remote_supported e t)) (t - 1)) as [old ->].
  { cbn. unfold zlen. rewrite He. destruct Ht as [-> | ->]; vm_compute; split; congruence. }
  res_simpl. destruct (u8 v =? old); [by eexists|]. eexists. split; [done|]. unfold ext_ok. cbn [with_ids m_idMap].
  rewrite length_insert. unfold peer_toggle_remote. by destruct (_ && _).
Qed.

Lemma toggled_ok t e x p : ext_ok e -> side_ok p x ->
  ext_ok (fst (unset_local_enabled t e x)) /\ side_ok p (snd (unset_local_enabled t e x)).
Proof.
  intros He Hx. unfold unset_local_enabled. destruct (negb _); [done|]. cbn [fst snd]. split; [done|].
  destruct (t =? UT_PEX); [|done]. destruct Hx as [H1 H2 H3 H4]. by split.
Qed.

(** What the handling of a message may end in. *)
Definition handled {A} (P : A -> Prop) (r : res A) : Prop :=
  match r with
  | Ok a => P a
  | Throw e => e = communication_error \/ e = bencode_error
  | UB => False
  end.

Lemma handled_bind {A B} (P : A -> Prop) (Q : B -> Prop) m (f : A -> res B) :
  handled P m -> (forall a, P a -> handled Q (f a)) -> handled Q (m ≫= f).
Proof. intros Hm Hf. destruct m; [by apply Hf|done..]. Qed.

Lemma set_metadata_size_ok size x p : 0 <= size < 2 ^ 64 -> side_ok p x -> handled (side_ok p) (set_metadata_size size x).
Proof.
  intros Hs Hx. pose proof Hx as [H1 H2 H3 H4]. unfold set_metadata_size. destruct (x_meta x) eqn:Em.
  - destruct ((size =? 0) || (Z.shiftl 1 26 <? size)) eqn:E; [by left|]. apply orb_false_iff in E as [E1 E2]. bool_prop.
    change (Z.shiftl 1 26) with (2 ^ 26) in E2. cbn [throw_when mbind res_bind].
    assert (Hr : 0 <= size < 2 ^ 32) by lia.
    destruct (x_file_size x <? 2); [|destruct (negb (size =? x_file_size x)); [by left|]]; cbn [throw_when mbind res_bind];
      split; cbn; try done; congruence.
  - destruct (H4 eq_refl) as [Hpos Hinfo]. rewrite (proj2 (Z.eqb_neq (x_metadata_size x) 0)) by lia. cbn [negb andb].
    destruct (x_metadata_size x =? size) eqn:E; [|by left]. bool_prop. subst size. cbn [negb throw_when mbind res_bind].
    destruct x. done.
Qed.

Lemma handled_ok {A} (P : A -> Prop) r a : r = Ok a -> P a -> handled P r.
Proof. by intros ->. Qed.

Lemma apply_handshake_ok p values e x : ext_ok e -> side_ok p x -> zlen values = 7 ->
  handled (fun q => ext_ok q.1 /\ side_ok p q.2) (apply_handshake p values e x).
Proof.
  intros He Hx Hv. unfold apply_handshake.
  destruct (parse_type_ok UT_PEX values e He Hv) as (e1 & -> & He1); [by left|]. res_simpl.
  destruct (parse_type_ok UT_METADATA values e1 He1 Hv) as (e2 & -> & He2); [by right|]. res_simpl.
  set (q := if is_initial_handshake e2 then _ else _).
  assert (Hq : ext_ok q.1 /\ side_ok p q.2).
  { subst q. destruct (is_initial_handshake e2); [|done]. unfold drop_unsupported.
    assert (Hd : forall t e x, ext_ok e -> side_ok p x ->
      ext_ok (if is_remote_supported e t then (e, x) else unset_local_enabled t e x).1 /\
      side_ok p (if is_remote_supported e t then (e, x) else unset_local_enabled t e x).2).
    { intros t e' x' H1 H2. destruct (is_remote_supported e' t); [done|by apply toggled_ok]. }
    pose proof (Hd UT_PEX e2 x He2 Hx) as Hd1.
    destruct (if is_remote_supported e2 UT_PEX then _ else _) as [e3 x3]. destruct Hd1. by apply Hd. }
  destruct q as [e3 x3]. cbn [fst snd] in Hq. destruct Hq as [He3 Hx3].
  destruct (int_at_ok values 4) as [port ->]; [lia|]. res_simpl.
  eapply (handled_bind (side_ok p)).
  { destruct port as [port|]; [|done]. destruct (0 <? u16 port); [|done]. destruct Hx3 as [H1 [i Hi] H3 H4].
    unfold update_peer, peer. rewrite Hi. res_simpl. split; cbn; try done; [|by rewrite lookup_insert_eq].
    pose proof (lo_known _ H1 p ltac:(by rewrite Hi)) as ([k q] & Hq & Hin)%list_elem_of_fmap. cbn in Hq. subst q.
    destruct (lo_peers _ H1 k p Hin) as (j & Hj & Hji & _). rewrite Hi in Hj. injection Hj as <-.
    by apply (with_peer_ok (x_peers x3) p i). }
  intros x4 Hx4. destruct (int_at_ok values 5) as [reqq ->]; [lia|]. res_simpl.
  destruct (int_at_ok values 3) as [size ->]; [lia|]. res_simpl.
  eapply (handled_bind (side_ok p)).
  { destruct size as [v|]; [|done]. apply set_metadata_size_ok; [apply u64_range|done]. }
  intros x5 Hx5. cbn. split; [|done]. by destruct reqq.
Qed.

Lemma static_read_handled msg table k : table_ok k table -> k = zlen table -> Bencode.input_ok msg ->
  handled (fun q => zlen q.1 = k /\ Forall raw_bytes q.1)
    (static_map_read_bencode_c reallocates msg (empty_message table) table).
Proof.
  intros Ht Hk Hm. assert (Hz : zlen (empty_message table) = k).
  { unfold empty_message, zlen in *. rewrite length_replicate. lia. }
  assert (Hf : Forall raw_bytes (empty_message table)) by (by apply Forall_replicate).
  pose proof (static_map_read_raw reallocates k msg _ table Ht Hz Hf Hm) as Hr.
  destruct (static_map_read_bencode_c _ _ _ _) as [[v r]|e|]; [|right; done|done].
  cbn. by destruct Hr as (? & ? & _).
Qed.

Lemma ext_tables_ok : table_ok 7 ext_handshake_keys /\ table_ok 1 ext_pex_keys /\ table_ok 3 ext_metadata_keys.
Proof. unfold ext_handshake_keys, ext_pex_keys, ext_metadata_keys. split_and!; repeat constructor; vm_compute; congruence. Qed.

Lemma piece_end_value size : 0 <= size < 2 ^ 32 -> piece_end size = (size + 16383) / 16384.
Proof.
  intros Hs. unfold piece_end, metadata_piece_size, metadata_piece_shift. change (Z.shiftl 1 14) with 16384.
  rewrite u64_small by lia. rewrite Z.shiftr_div_pow2 by lia. change (2 ^ 14) with 16384. f_equal. lia.
Qed.

(** The part of the metadata that is sent. *)
Definition piece_length (size piece : Z) : Z := if piece =? piece_end size - 1 then size mod 16384 else 16384.

(** One more piece than full ones, unless the last one is full. *)
Lemma piece_count size : 0 <= size -> let r := size mod 16384 in
  0 <= r < 16384 /\ 16384 * ((size + 16383) / 16384 - (if r =? 0 then 0 else 1)) = size - r.
Proof.
  intros Hs r. pose proof (Z.mod_pos_bound size 16384 ltac:(lia)) as Hr. split; [exact Hr|].
  pose proof (Z.div_mod size 16384 ltac:(lia)) as Hd. subst r. set (r := size mod 16384) in *.
  set (q := size / 16384) in *. destruct (r =? 0) eqn:E; bool_prop.
  - replace ((size + 16383) / 16384) with q; [lia|]. apply (Z.div_unique _ _ q 16383); lia.
  - replace ((size + 16383) / 16384) with (q + 1); [lia|]. apply (Z.div_unique _ _ (q + 1) (r - 1)); lia.
Qed.

Lemma piece_fits size piece : 0 <= size < 2 ^ 32 -> 0 <= piece < piece_end size ->
  0 <= piece_length size piece /\ piece * 16384 + piece_length size piece <= size.
Proof.
  intros Hs. unfold piece_length. rewrite piece_end_value by lia. intros Hp.
  destruct (piece_count size) as [Hr Hc]; [lia|].
  destruct (piece =? (size + 16383) / 16384 - 1) eqn:E; bool_prop; destruct (size mod 16384 =? 0); lia.
Qed.

Lemma send_metadata_piece_ok p piece e x : ext_ok e -> side_ok p x -> 0 <= piece < 2 ^ 64 ->
  exists e', send_metadata_piece piece e x = Ok e' /\ ext_ok e' /\
    (x_meta x = false -> piece < piece_end (x_metadata_size x) -> exists s b,
      object_write_bencode_c object_write_to_buffer [] (0, x_metadata_size x) (x_info x) 0 = Ok (s, b) /\
      m_pending e' = Some (data_text piece (x_metadata_size x) ++
        take (Z.to_nat (piece_length (x_metadata_size x) piece)) (drop (Z.to_nat (piece * 16384)) s))).
Proof.
  intros He [H1 H2 H3 H4] Hp. unfold send_metadata_piece.
  assert (Hd : forall v, 0 <= v -> 0 <= zlen (Bencode.decimal v) <= 20).
  { intros v Hv. split; [apply zlen_nonneg|by apply decimal_length]. }
  destruct (x_meta x || (piece_end (x_metadata_size x) <=? piece)) eqn:E.
  - destruct (build_bencode_ok (8 + 36) (reject_text piece)) as (m & -> & _).
    { unfold reject_text. rewrite !Bencode.zlen_app. change (zlen (ascii_bytes "d8:msg_typei2e5:piecei")) with 22.
      change (zlen (ascii_bytes "ee")) with 2. specialize (Hd piece ltac:(lia)). lia. }
    res_simpl. eexists. split; [done|]. split; [done|]. intros Hm Hlt. rewrite Hm in E. cbn in E. bool_prop. lia.
  - apply orb_false_iff in E as [Em El]. bool_prop. destruct (H4 Em) as (Hpos & s & b & Hw & Hz). rewrite Hw. res_simpl.
    pose proof (piece_fits (x_metadata_size x) piece H3 ltac:(lia)) as [Hl0 Hl1].
    change (metadata_piece_size) with 16384 in *. fold (piece_length (x_metadata_size x) piece).
    unfold metadata_piece_shift. rewrite Z.shiftl_mul_pow2 by lia. change (2 ^ 14) with 16384.
    set (len := piece_length (x_metadata_size x) piece) in *.
    destruct (build_bencode_ok (2 * 8 + len + 120) (data_text piece (x_metadata_size x))) as (m & Hm & Hml).
    { unfold data_text. rewrite !Bencode.zlen_app. change (zlen (ascii_bytes "d8:msg_typei1e5:piecei")) with 22.
      change (zlen (ascii_bytes "e10:total_sizei")) with 15. change (zlen (ascii_bytes "ee")) with 2.
      pose proof (Hd piece ltac:(lia)). pose proof (Hd (x_metadata_size x) ltac:(lia)). lia. }
    assert (Hmt : m = data_text piece (x_metadata_size x) /\ zlen m <= 79).
    { assert (Hle : zlen (data_text piece (x_metadata_size x)) <= 79).
      { unfold data_text. rewrite !Bencode.zlen_app. change (zlen (ascii_bytes "d8:msg_typei1e5:piecei")) with 22.
        change (zlen (ascii_bytes "e10:total_sizei")) with 15. change (zlen (ascii_bytes "ee")) with 2.
        pose proof (Hd piece ltac:(lia)). pose proof (Hd (x_metadata_size x) ltac:(lia)). lia. }
      split; [|lia]. unfold build_bencode in Hm. rewrite (proj2 (Z.ltb_ge _ _)) in Hm by lia.
      rewrite (proj2 (Z.eqb_neq _ _)) in Hm by lia. by injection Hm. }
    rewrite Hm. res_simpl. rewrite (proj2 (Z.ltb_ge _ _)) by lia. res_simpl. rewrite (proj2 (Z.ltb_ge _ _)) by lia. res_simpl.
    eexists. split; [done|]. split; [done|]. intros _ _. exists s, b. split; [done|]. cbn. by rewrite (proj1 Hmt).
Qed.

Lemma value_or_error_ok values i : 0 <= i < zlen values -> handled (fun _ => True) (value_or_error values i).
Proof.
  intros Hi. unfold value_or_error. destruct (int_at_ok values i Hi) as [[v|] ->]; res_simpl; [done|by right].
Qed.

Lemma parse_metadata_ok p msg e x : ext_ok e -> side_ok p x -> Bencode.input_ok msg ->
  handled (fun q => ext_ok q.1.2) (parse_ut_metadata reallocates msg e x).
Proof.
  intros He Hx Hm. unfold parse_ut_metadata.
  eapply handled_bind; [apply (static_read_handled msg ext_metadata_keys 3); [apply ext_tables_ok|done|done]|].
  intros [values r] [Hv _]. cbn [fst] in Hv.
  assert (Hval : forall i, 0 <= i < 3 -> handled (fun _ => True) (value_or_error values i)).
  { intros i Hi. apply value_or_error_ok. lia. }
  eapply handled_bind; [apply Hval; lia|]. intros ty _. destruct (ty =? 0).
  - destruct (has_pending_message e); [done|]. eapply handled_bind; [apply Hval; lia|]. intros piece _.
    destruct (send_metadata_piece_ok p (u64 piece) e x He Hx (u64_range piece)) as (e' & -> & He' & _). done.
  - destruct (negb (has_connection e)); [done|].
    destruct (ty =? 1); [|destruct (ty =? 2); [|done]]; (eapply handled_bind; [apply Hval; lia|]; done).
Qed.

Lemma dispatch_ok now p msg e x : ext_ok e -> side_ok p x -> Bencode.input_ok msg ->
  (m_readType e = SKIP_EXTENSION \/ 0 <= m_readType e < FIRST_INVALID) ->
  handled (fun q => ext_ok q.1.1.2 /\ side_ok p q.1.2) (dispatch reallocates now p msg e x).
Proof.
  intros He Hx Hm Ht. unfold dispatch. destruct (m_readType e =? SKIP_EXTENSION) eqn:E0; [done|]. bool_prop.
  destruct Ht as [Ht|Ht]; [done|]. destruct (m_readType e =? HANDSHAKE) eqn:E1.
  { unfold parse_handshake. eapply (handled_bind (fun q => ext_ok q.1.2 /\ side_ok p q.2)); [|by intros [[b e'] x'] H1].
    eapply handled_bind; [apply (static_read_handled msg ext_handshake_keys 7); [apply ext_tables_ok|done|done]|].
    intros [values r] [Hv _]. eapply handled_bind; [by apply apply_handshake_ok|]. by intros [e' x'] H1. }
  destruct (m_readType e =? UT_PEX) eqn:E2.
  { unfold parse_ut_pex.
    eapply (handled_bind (fun q => ext_ok q.1.2 /\ side_ok p q.2)); [|by intros [[b e'] x'] H1].
    eapply handled_bind; [apply (static_read_handled msg ext_pex_keys 1); [apply ext_tables_ok|done|done]|].
    intros [values r] [Hv Hf]. cbn [fst] in *. unfold message_value.
    destruct (zlookup_lt_is_Some values 0) as [o Ho]; [lia|]. rewrite Ho. res_simpl.
    change (zlookup values 0) with (zlookup values (Z.of_nat 0)) in Ho. rewrite zlookup_nat in Ho. pose proof (Forall_lookup_1 _ _ _ _ Hf Ho) as Hraw.
    destruct o; try done. destruct Hx as [H1 H2 H3 H4].
    destruct (insert_pex_list_ok now raw (x_peers x) H1 Hraw) as (n & l' & -> & Hl & Hent & _). res_simpl.
    split; [done|]. split; cbn; try done. destruct H2 as [i Hi].
    pose proof (lo_known _ H1 p ltac:(by rewrite Hi)) as Hin. rewrite <- Hent in Hin.
    apply list_elem_of_fmap in Hin as ([k q] & Hq & Hin). cbn in Hq. subst q.
    destruct (lo_peers _ Hl k p Hin) as (j & Hj & _). by rewrite Hj. }
  destruct (m_readType e =? UT_METADATA) eqn:E3; bool_prop.
  { eapply handled_bind; [by apply (parse_metadata_ok p)|]. by intros [[b e'] r] H1. }
  unfold HANDSHAKE, UT_PEX, UT_METADATA, FIRST_INVALID in *. lia.
Qed.

(** A whole message, as the handshake gives it to the extensions. *)
Definition read_message (now p t : Z) (msg : bytes) (e : ProtocolExtension) (x : ExtDownload)
    : res (bool * ProtocolExtension * ExtDownload * option received) :=
  e ← read_start t (zlen msg) false e;
  e ← read_data msg e;
  read_done reallocates now p e x.

Lemma read_message_ok now p t msg e x : ext_ok e -> m_read e = None -> side_ok p x -> Bencode.input_ok msg -> 0 <= t ->
  match read_message now p t msg e x with
  | Ok (_, e', x', _) => ext_ok e' /\ m_read e' = None /\ side_ok p x' /\ is_received_ext e' = true
  | Throw err => err = communication_error
  | UB => False
  end.
Proof.
  intros He Hr Hx Hm Ht. unfold read_message, read_start.
  destruct (is_default e || (FIRST_INVALID <=? t) || (Z.shiftl 1 15 <? zlen msg)) eqn:E; [done|].
  apply orb_false_iff in E as [E E3]. apply orb_false_iff in E as [E1 E2]. bool_prop.
  change (Z.shiftl 1 15) with 32768 in E3. pose proof (zlen_nonneg msg) as Hz.
  cbn [throw_when mbind res_bind]. rewrite Hr. cbn [throw_when mbind res_bind].
  unfold read_data. cbn [with_reading m_read of_deref mbind res_bind]. change (zlen (@nil Z)) with 0.
  rewrite (proj2 (Z.ltb_ge (zlen msg) (0 + zlen msg))) by lia. cbn [ub_when mbind res_bind].
  unfold read_done. cbn [with_reading m_read app].
  match goal with |- context [dispatch reallocates now p msg ?e2 x] => set (e2' := e2) end.
  assert (He2 : ext_ok e2') by done.
  pose proof (dispatch_ok now p msg e2' x He2 Hx Hm) as Hd.
  assert (Hty : m_readType e2' = SKIP_EXTENSION \/ 0 <= m_readType e2' < FIRST_INVALID).
  { subst e2'. cbn [with_reading m_readType orb]. destruct (negb (is_local_enabled e t)); [by left|right]. unfold FIRST_INVALID in *. lia. }
  specialize (Hd Hty).
  assert (Hrec : forall y, is_received_ext (with_e_flags y (Z.lor (e_flags y) flag_received_ext)) = true).
  { intros y. unfold is_received_ext, has_e_flag. cbn. change flag_received_ext with (2 ^ 3).
    rewrite land_pow2 by lia. rewrite Z.lor_spec. by rewrite orb_true_r. }
  destruct (dispatch reallocates now p msg e2' x) as [[[[b e'] x'] r]|err|]; cbn [mbind res_bind].
  - destruct Hd as [Hd1 Hd2]. cbn in Hd1, Hd2. split_and!; try done; apply Hrec.
  - destruct Hd as [-> | ->]; [done|]. cbn [mbind res_bind]. split_and!; try done; apply Hrec.
  - done.
Qed.

(** C6: Whatever bytes without a run of more than 18 digits the other side sends
    as an extension message, handling them returns or ends the connection with
    [communication_error]: no memory is misused, no internal error is raised,
    and what is known of peers and the download stays consistent.  Longer
    numbers overflow the signed integer of the reader: [long_number_overflows]
    below. *)
Theorem extension_message_safe (now p t : Z) (msg : bytes) (e : ProtocolExtension) (x : ExtDownload) :
  ext_ok e -> m_read e = None -> side_ok p x -> Bencode.input_ok msg -> 0 <= t ->
  match read_message now p t msg e x with
  | Ok (_, e', x', _) => ext_ok e' /\ m_read e' = None /\ side_ok p x'
  | Throw err => err = communication_error
  | UB => False
  end.
Proof.
  intros He Hr Hx Hm Ht. pose proof (read_message_ok now p t msg e x He Hr Hx Hm Ht) as H1.
  destruct (read_message now p t msg e x) as [[[[b e'] x'] r]|err|]; [|done..]. tauto.
Qed.

(** A request for a piece of the metadata is answered with that piece of the
    dictionary, if the dictionary does not end where a piece ends. *)
Theorem metadata_piece_served (p piece : Z) (e : ProtocolExtension) (x : ExtDownload) :
  ext_ok e -> side_ok p x -> x_meta x = false -> x_metadata_size x mod 16384 <> 0 ->
  0 <= piece < piece_end (x_metadata_size x) ->
  exists e' s b, send_metadata_piece piece e x = Ok e' /\
    object_write_bencode_c object_write_to_buffer [] (0, x_metadata_size x) (x_info x) 0 = Ok (s, b) /\
    m_pending e' = Some (data_text piece (x_metadata_size x) ++ take (Z.to_nat 16384) (drop (Z.to_nat (piece * 16384)) s)).
Proof.
  intros He Hx Hmeta Hmod Hp. pose proof (sd_size p x Hx) as Hs.
  assert (Hlt : piece < 2 ^ 64) by (destruct (piece_fits _ _ Hs Hp); lia).
  destruct (send_metadata_piece_ok p piece e x He Hx ltac:(lia)) as (e' & E & _ & Hsent).
  destruct (Hsent Hmeta (proj2 Hp)) as (s & b & Hw & Hpend). exists e', s, b. split_and!; try done.
  rewrite Hpend. do 2 f_equal. destruct (sd_info p x Hx Hmeta) as (_ & s' & b' & Hw' & Hz). rewrite Hw in Hw'.
  injection Hw' as <- <-. unfold piece_length. rewrite piece_end_value in * by done.
  destruct (piece =? (x_metadata_size x + 16383) / 16384 - 1) eqn:El; [|done]. bool_prop.
  assert (Hlen : (length (drop (Z.to_nat (piece * 16384)) s) <= Z.to_nat (x_metadata_size x mod 16384))%nat).
  { rewrite length_drop. unfold zlen in Hz. destruct (piece_count (x_metadata_size x)) as [Hr Hc]; [lia|].
    rewrite (proj2 (Z.eqb_neq _ 0) Hmod) in Hc. lia. }
  rewrite !take_ge; [done| |done]. etransitivity; [exact Hlen|].
  pose proof (Z.mod_pos_bound (x_metadata_size x) 16384 ltac:(lia)). lia.
Qed.

(** When it does, the last piece is sent without its data. *)
Theorem full_last_piece_empty (p : Z) (e : ProtocolExtension) (x : ExtDownload) :
  ext_ok e -> side_ok p x -> x_meta x = false -> x_metadata_size x mod 16384 = 0 ->
  exists e', send_metadata_piece (piece_end (x_metadata_size x) - 1) e x = Ok e' /\
    m_pending e' = Some (data_text (piece_end (x_metadata_size x) - 1) (x_metadata_size x)).
Proof.
  intros He Hx Hmeta Hmod. pose proof (sd_size p x Hx) as Hs. destruct (sd_info p x Hx Hmeta) as (Hpos & _).
  assert (Hr : 0 <= piece_end (x_metadata_size x) - 1 < 2 ^ 64).
  { rewrite piece_end_value by done. destruct (piece_count (x_metadata_size x)) as [_ Hc]; [lia|].
    rewrite Hmod in Hc. change (if 0 =? 0 then 0 else 1) with 0 in Hc. lia. }
  destruct (send_metadata_piece_ok p _ e x He Hx Hr) as (e' & E & _ & Hsent). exists e'. split; [done|].
  destruct (Hsent Hmeta ltac:(lia)) as (s & b & Hw & ->). unfold piece_length. rewrite Z.eqb_refl, Hmod.
  change (Z.to_nat 0) with 0%nat. by rewrite take_0, app_nil_r.
Qed.

End facts.

(** ** Concrete downloads *)
Section Witnesses.
#[local] Instance local_host : ByteOrder := true.

Definition small_side (n : nat) : ExtDownload :=
  mkExtDownload false (zlen (Bencode.decimal (Z.of_nat n)) + 1 + Z.of_nat n) 0 0 (TYPE_STRING 0 (replicate n 97)) one_peer.

Lemma small_side_ok n : 0 < x_metadata_size (small_side n) < 2 ^ 32 ->
  (exists b, object_write_bencode_c object_write_to_buffer [] (0, x_metadata_size (small_side n)) (x_info (small_side n)) 0 =
    Ok (Bencode.decimal (Z.of_nat n) ++ 58 :: replicate n 97, b)) -> side_ok 7 (small_side n).
Proof.
  intros Hn [b Hw]. split; [apply one_peer_ok|by eexists|lia|]. intros _. split; [lia|]. eexists. exists b.
  split; [exact Hw|]. rewrite Bencode.zlen_app. unfold zlen, small_side. cbn [length x_metadata_size].
  rewrite length_replicate. unfold zlen. lia.
Qed.

Fixpoint short_check (s : bytes) : bool :=
  (Bencode.digit_run s <=? 18) && match s with [] => true | _ :: s => short_check s end.

Lemma short_numbers_check s : short_check s = true -> Bencode.short_numbers s.
Proof.
  intros Hc a. revert s Hc. induction a as [|c a IH]; intros s Hc r ->.
  - cbn [app] in Hc. destruct r; cbn [short_check] in Hc; apply andb_true_iff in Hc as [Hc _]; by bool_prop.
  - cbn [app short_check] in Hc. apply andb_true_iff in Hc as [_ Hc]. by apply (IH (a ++ r)).
Qed.

(** A message that asks for the first piece of the metadata. *)
Definition piece_request : bytes := ascii_bytes "d8:msg_typei0e5:piecei0ee".

Lemma piece_request_ok : Bencode.input_ok piece_request.
Proof.
  split; [vm_compute; repeat (apply Forall_cons_2; [split; congruence|]); apply Forall_nil_2|].
  apply short_numbers_check. vm_compute. reflexivity.
Qed.

Lemma extension_message_safe_witness :
  match read_message (fun _ => false) 1000 7 UT_METADATA piece_request new_extension (small_side 1) with
  | Ok (_, e', x', _) => ext_ok e' /\ m_read e' = None /\ side_ok 7 x'
  | Throw err => err = communication_error
  | UB => False
  end.
Proof.
  apply (extension_message_safe (fun _ => false) 1000 7 UT_METADATA piece_request new_extension (small_side 1)).
  - reflexivity.
  - reflexivity.
  - apply small_side_ok; [split; reflexivity|eexists; vm_compute; reflexivity].
  - apply piece_request_ok.
  - vm_compute. congruence.
Defined.

(** A number of twenty digits. *)
Example long_number_overflows :
  read_message (fun _ => false) 1000 7 UT_METADATA (ascii_bytes "d8:msg_typei99999999999999999999ee") new_extension (small_side 1) = UB.
Proof. vm_compute. reflexivity. Qed.

(** The answer to that request. *)
Example first_piece :
  (match read_message (fun _ => false) 1000 7 UT_METADATA piece_request new_extension (small_side 1) with
   | Ok (true, e', _, None) => m_pending e' = Some (ascii_bytes "d8:msg_typei1e5:piecei0e10:total_sizei3ee1:a")
   | _ => False
   end).
Proof. vm_compute. reflexivity. Qed.

Lemma metadata_piece_served_witness :
  exists e', send_metadata_piece 0 new_extension (small_side 1) = Ok e' /\
    m_pending e' = Some (ascii_bytes "d8:msg_typei1e5:piecei0e10:total_sizei3ee1:a").
Proof.
  destruct (metadata_piece_served 7 0 new_extension (small_side 1)) as (e' & s & b & E & Hw & Hp).
  - reflexivity.
  - apply small_side_ok; [split; reflexivity|eexists; vm_compute; reflexivity].
  - reflexivity.
  - vm_compute. congruence.
  - vm_compute. split; congruence.
  - exists e'. split; [exact E|]. rewrite Hp. vm_compute in Hw. injection Hw as <- _. vm_compute. reflexivity.
Defined.

Lemma full_last_piece_empty_witness :
  exists e', send_metadata_piece 0 new_extension (small_side (Z.to_nat 16378)) = Ok e' /\
    m_pending e' = Some (ascii_bytes "d8:msg_typei1e5:piecei0e10:total_sizei16384ee").
Proof.
  destruct (full_last_piece_empty 7 new_extension (small_side (Z.to_nat 16378))) as (e' & E & Hp).
  - reflexivity.
  - apply small_side_ok; [split; vm_compute; reflexivity|eexists; vm_compute; reflexivity].
  - reflexivity.
  - vm_compute. reflexivity.
  - exists e'. split; [exact E|]. rewrite Hp. vm_compute. reflexivity.
Defined.

(** The refusal of a piece with twenty digits loses its last character. *)
Example reject_cut :
  (match build_bencode (8 + 36) (reject_text (2 ^ 64 - 1)) with
   | Ok m => m = ascii_bytes "d8:msg_typei2e5:piecei18446744073709551615e" ++ [0]
   | _ => False
   end).
Proof. vm_compute. reflexivity. Qed.

(** Turning the metadata extension on announces it under another name. *)
Example toggle_metadata : generate_toggle_message UT_METADATA true = Ok (ascii_bytes "d1:md13:metadata_sizei2eee").
Proof. vm_compute. reflexivity. Qed.

(** What is announced is understood: the handshake of one side makes the other
    know both extensions. *)
Example handshakes_meet :
  (match generate_handshake_message (ENCRYPTION_MODE_PREFER, ENCRYPTION_MODE_ALLOW) 6881 (ascii_bytes "libTorrent 0.15")
           (fst (set_local_enabled UT_PEX new_extension (small_side 1))) (small_side 1) with
   | Ok m => match read_message (fun _ => false) 1000 7 HANDSHAKE m
                     (fst (set_local_enabled UT_PEX new_extension (small_side 1))) (small_side 1) with
             | Ok (true, e', x', None) => m_idMap e' = [1; 2] /\ m_maxQueueLength e' = 2048 /\
                 is_initial_handshake e' = false /\ is_local_enabled e' UT_PEX = true /\
                 m_listenPort <$> peers (x_peers x') !! 7 = Some 6881
             | _ => False
             end
   | _ => False
   end).
Proof. vm_compute. done. Qed.

End Witnesses.

End Extensions.
