(* ===== verification/Handshake.v ===== *)
(** * The handshake of a connection (src/protocol/handshake.h, handshake.cc)

    Module [Handshake]: the state machine that takes a new connection from the
    proxy dialogue and the key exchange to the bitfield.  The handlers run in a
    monad of their own: a step may return, raise one of the exceptions the
    handlers tell apart, or be undefined, and an exception keeps the state it
    was raised in, which decides whether the connection is tried again.

    The socket is a script of what [recv] and [send] answer; random numbers,
    the key pair and the settings are in the environment [Env]; the poll
    registration, the bytes sent and the nodes handed to the DHT are part of
    the state.  Throttle accounting returns its argument and is left out. *)

From Stdlib Require Import Strings.String.
From S2P Require Import Prelude Object StaticMap ProtocolBase Bitfield SocketAddress Utils Encryption Proxy PeerList Extensions.

Module Handshake.
Import Object ProtocolBuffer SocketAddress PeerInfo PeerList EncryptionPolicy DiffieHellman EncryptionInfo HandshakeEncryption.

(** ** Constants *)

Definition part1_size : Z := 20 + 28.
Definition part2_size : Z := 20.
Definition handshake_size : Z := part1_size + part2_size.
Definition read_message_size : Z := 2 * 5.
Definition protocol_bitfield : Z := 5.
Definition protocol_port : Z := 9.
Definition protocol_extension : Z := 20.
Definition enc_negotiation_size : Z := 8 + 4 + 2.
Definition enc_pad_size : Z := 512.
Definition enc_pad_read_size : Z := 96 + enc_pad_size + 20.
Definition buffer_size : Z :=
  enc_pad_read_size + 20 + enc_negotiation_size + enc_pad_size + 2 + handshake_size + read_message_size.

Definition e_handshake_not_bittorrent : Z := 0.
Definition e_handshake_not_accepting_connections : Z := 1.
Definition e_handshake_unknown_download : Z := 2.
Definition e_handshake_inactive_download : Z := 3.
Definition e_handshake_unwanted_connection : Z := 4.
Definition e_handshake_is_self : Z := 5.
Definition e_handshake_invalid_value : Z := 6.
Definition e_handshake_unencrypted_rejected : Z := 7.
Definition e_handshake_invalid_encryption : Z := 8.
Definition e_handshake_encryption_sync_failed : Z := 9.
Definition e_handshake_network_unreachable : Z := 10.
Definition e_handshake_network_timeout : Z := 11.
Definition e_handshake_toomanyfailed : Z := 12.
Definition e_handshake_no_peer_info : Z := 13.
Definition e_handshake_network_socket_error : Z := 14.
Definition e_handshake_network_read_error : Z := 15.
Definition e_handshake_network_write_error : Z := 16.
Definition e_last : Z := 17.
Definition handshake_dropped : Z := 6.
Definition handshake_failed : Z := 7.

Definition m_protocol : bytes := StaticMap.ascii_bytes "BitTorrent protocol".
Definition max_failed : Z := 3.

Inductive State :=
| INACTIVE | CONNECTING | POST_HANDSHAKE
| PROXY_WRITE | PROXY_READ | PROXY_DONE
| READ_ENC_KEY | READ_ENC_SYNC | READ_ENC_SKEY | READ_ENC_NEGOT | READ_ENC_PAD | READ_ENC_IA
| READ_INFO | READ_PEER | READ_MESSAGE | READ_BITFIELD | READ_EXT | READ_PORT.

#[global] Instance State_eq_dec : EqDecision State.
Proof. solve_decision. Defined.

(** ** State *)

(** What [recv] and [send] answer: an amount of data, nothing for now, or an
    error or the end of the connection. *)
Inductive recv_answer := Received (s : bytes) | RecvBlocked | RecvFailed.
Inductive send_answer := Accepted (n : Z) | SendBlocked | SendFailed.

Record download := mkDownload {
  d_hash : bytes;
  d_hash_obfuscated : bytes;
  d_local_id : bytes;
  d_active : bool;
  d_accepting : bool;
  d_bitfield : Bitfield.Bitfield;
  d_initial_seeding : bool;
  d_pex : bool;
  d_max_size_pex : Z;
  d_side : Extensions.ExtDownload
}.

Definition d_meta (d : download) : bool := Extensions.x_meta (d_side d).
Definition d_peers (d : download) : PeerList := Extensions.x_peers (d_side d).
Definition with_side (d : download) (x : Extensions.ExtDownload) : download :=
  mkDownload (d_hash d) (d_hash_obfuscated d) (d_local_id d) (d_active d) (d_accepting d) (d_bitfield d)
    (d_initial_seeding d) (d_pex d) (d_max_size_pex d) x.
Definition with_d_peers (d : download) (l : PeerList) : download := with_side d (Extensions.with_x_peers (d_side d) l).

Section Handshake.
Context `{Crypto} `{ByteOrder}.

(** The settings and the outside: the table of IPv4 ranges, the state of the
    DHT, the key pair, random numbers, the clock and an unused pointer. *)
Record Env := mkEnv {
  ipv4_table : Extents.table;
  dht_active : bool;
  dht_receiving : bool;
  dht_port : Z;
  encryption_modes : encryption_mode * encryption_mode;
  listen_port : Z;
  version : bytes;
  generated : option DH;
  random_length : Z;
  random_byte : nat -> Z;
  seconds : Z;
  fresh : Z;
  reallocates : nat -> bool
}.

Record Handshake := mkHandshake {
  m_state : State;
  m_incoming : bool;
  m_address : sockaddr;
  m_options : bytes;
  m_peerInfo : option Z;
  m_download : option nat;
  m_proxy : option Proxy.Proxy;
  m_bitfield : Bitfield.Bitfield;
  m_readPos : Z;
  m_writePos : Z;
  m_readDone : bool;
  m_writeDone : bool;
  m_encryption : HandshakeEncryption;
  m_extensions : Extensions.ProtocolExtension;
  m_readBuffer : ProtocolBuffer;
  m_writeBuffer : ProtocolBuffer;
  in_read : bool;
  in_write : bool;
  net_in : list recv_answer;
  net_out : list send_answer;
  sent : bytes;
  downloads : list download;
  dht_nodes : list (sockaddr * Z)
}.

Definition set_state (v : State) (h : Handshake) : Handshake :=
  mkHandshake v (m_incoming h) (m_address h) (m_options h) (m_peerInfo h) (m_download h) (m_proxy h) (m_bitfield h)
    (m_readPos h) (m_writePos h) (m_readDone h) (m_writeDone h) (m_encryption h) (m_extensions h) (m_readBuffer h)
    (m_writeBuffer h) (in_read h) (in_write h) (net_in h) (net_out h) (sent h) (downloads h) (dht_nodes h).
Definition set_options (v : bytes) (h : Handshake) : Handshake :=
  mkHandshake (m_state h) (m_incoming h) (m_address h) v (m_peerInfo h) (m_download h) (m_proxy h) (m_bitfield h)
    (m_readPos h) (m_writePos h) (m_readDone h) (m_writeDone h) (m_encryption h) (m_extensions h) (m_readBuffer h)
    (m_writeBuffer h) (in_read h) (in_write h) (net_in h) (net_out h) (sent h) (downloads h) (dht_nodes h).
Definition set_peer_info (v : option Z) (h : Handshake) : Handshake :=
  mkHandshake (m_state h) (m_incoming h) (m_address h) (m_options h) v (m_download h) (m_proxy h) (m_bitfield h)
    (m_readPos h) (m_writePos h) (m_readDone h) (m_writeDone h) (m_encryption h) (m_extensions h) (m_readBuffer h)
    (m_writeBuffer h) (in_read h) (in_write h) (net_in h) (net_out h) (sent h) (downloads h) (dht_nodes h).
Definition set_download (v : option nat) (h : Handshake) : Handshake :=
  mkHandshake (m_state h) (m_incoming h) (m_address h) (m_options h) (m_peerInfo h) v (m_proxy h) (m_bitfield h)
    (m_readPos h) (m_writePos h) (m_readDone h) (m_writeDone h) (m_encryption h) (m_extensions h) (m_readBuffer h)
    (m_writeBuffer h) (in_read h) (in_write h) (net_in h) (net_out h) (sent h) (downloads h) (dht_nodes h).
Definition set_proxy (v : option Proxy.Proxy) (h : Handshake) : Handshake :=
  mkHandshake (m_state h) (m_incoming h) (m_address h) (m_options h) (m_peerInfo h) (m_download h) v (m_bitfield h)
    (m_readPos h) (m_writePos h) (m_readDone h) (m_writeDone h) (m_encryption h) (m_extensions h) (m_readBuffer h)
    (m_writeBuffer h) (in_read h) (in_write h) (net_in h) (net_out h) (sent h) (downloads h) (dht_nodes h).
Definition set_bitfield (v : Bitfield.Bitfield) (h : Handshake) : Handshake :=
  mkHandshake (m_state h) (m_incoming h) (m_address h) (m_options h) (m_peerInfo h) (m_download h) (m_proxy h) v
    (m_readPos h) (m_writePos h) (m_readDone h) (m_writeDone h) (m_encryption h) (m_extensions h) (m_readBuffer h)
    (m_writeBuffer h) (in_read h) (in_write h) (net_in h) (net_out h) (sent h) (downloads h) (dht_nodes h).
Definition set_read_pos (v : Z) (h : Handshake) : Handshake :=
  mkHandshake (m_state h) (m_incoming h) (m_address h) (m_options h) (m_peerInfo h) (m_download h) (m_proxy h)
    (m_bitfield h) v (m_writePos h) (m_readDone h) (m_writeDone h) (m_encryption h) (m_extensions h) (m_readBuffer h)
    (m_writeBuffer h) (in_read h) (in_write h) (net_in h) (net_out h) (sent h) (downloads h) (dht_nodes h).
Definition set_write_pos (v : Z) (h : Handshake) : Handshake :=
  mkHandshake (m_state h) (m_incoming h) (m_address h) (m_options h) (m_peerInfo h) (m_download h) (m_proxy h)
    (m_bitfield h) (m_readPos h) v (m_readDone h) (m_writeDone h) (m_encryption h) (m_extensions h) (m_readBuffer h)
    (m_writeBuffer h) (in_read h) (in_write h) (net_in h) (net_out h) (sent h) (downloads h) (dht_nodes h).
Definition set_read_done (v : bool) (h : Handshake) : Handshake :=
  mkHandshake (m_state h) (m_incoming h) (m_address h) (m_options h) (m_peerInfo h) (m_download h) (m_proxy h)
    (m_bitfield h) (m_readPos h) (m_writePos h) v (m_writeDone h) (m_encryption h) (m_extensions h) (m_readBuffer h)
    (m_writeBuffer h) (in_read h) (in_write h) (net_in h) (net_out h) (sent h) (downloads h) (dht_nodes h).
Definition set_write_done (v : bool) (h : Handshake) : Handshake :=
  mkHandshake (m_state h) (m_incoming h) (m_address h) (m_options h) (m_peerInfo h) (m_download h) (m_proxy h)
    (m_bitfield h) (m_readPos h) (m_writePos h) (m_readDone h) v (m_encryption h) (m_extensions h) (m_readBuffer h)
    (m_writeBuffer h) (in_read h) (in_write h) (net_in h) (net_out h) (sent h) (downloads h) (dht_nodes h).
Definition set_encryption (v : HandshakeEncryption) (h : Handshake) : Handshake :=
  mkHandshake (m_state h) (m_incoming h) (m_address h) (m_options h) (m_peerInfo h) (m_download h) (m_proxy h)
    (m_bitfield h) (m_readPos h) (m_writePos h) (m_readDone h) (m_writeDone h) v (m_extensions h) (m_readBuffer h)
    (m_writeBuffer h) (in_read h) (in_write h) (net_in h) (net_out h) (sent h) (downloads h) (dht_nodes h).
Definition set_extensions (v : Extensions.ProtocolExtension) (h : Handshake) : Handshake :=
  mkHandshake (m_state h) (m_incoming h) (m_address h) (m_options h) (m_peerInfo h) (m_download h) (m_proxy h)
    (m_bitfield h) (m_readPos h) (m_writePos h) (m_readDone h) (m_writeDone h) (m_encryption h) v (m_readBuffer h)
    (m_writeBuffer h) (in_read h) (in_write h) (net_in h) (net_out h) (sent h) (downloads h) (dht_nodes h).
Definition set_read_buffer (v : ProtocolBuffer) (h : Handshake) : Handshake :=
  mkHandshake (m_state h) (m_incoming h) (m_address h) (m_options h) (m_peerInfo h) (m_download h) (m_proxy h)
    (m_bitfield h) (m_readPos h) (m_writePos h) (m_readDone h) (m_writeDone h) (m_encryption h) (m_extensions h) v
    (m_writeBuffer h) (in_read h) (in_write h) (net_in h) (net_out h) (sent h) (downloads h) (dht_nodes h).
Definition set_write_buffer (v : ProtocolBuffer) (h : Handshake) : Handshake :=
  mkHandshake (m_state h) (m_incoming h) (m_address h) (m_options h) (m_peerInfo h) (m_download h) (m_proxy h)
    (m_bitfield h) (m_readPos h) (m_writePos h) (m_readDone h) (m_writeDone h) (m_encryption h) (m_extensions h)
    (m_readBuffer h) v (in_read h) (in_write h) (net_in h) (net_out h) (sent h) (downloads h) (dht_nodes h).
(** The poll registrations; [insert_read] and the like. *)
Definition set_poll (r w : bool) (h : Handshake) : Handshake :=
  mkHandshake (m_state h) (m_incoming h) (m_address h) (m_options h) (m_peerInfo h) (m_download h) (m_proxy h)
    (m_bitfield h) (m_readPos h) (m_writePos h) (m_readDone h) (m_writeDone h) (m_encryption h) (m_extensions h)
    (m_readBuffer h) (m_writeBuffer h) r w (net_in h) (net_out h) (sent h) (downloads h) (dht_nodes h).
Definition set_net (i : list recv_answer) (o : list send_answer) (s : bytes) (h : Handshake) : Handshake :=
  mkHandshake (m_state h) (m_incoming h) (m_address h) (m_options h) (m_peerInfo h) (m_download h) (m_proxy h)
    (m_bitfield h) (m_readPos h) (m_writePos h) (m_readDone h) (m_writeDone h) (m_encryption h) (m_extensions h)
    (m_readBuffer h) (m_writeBuffer h) (in_read h) (in_write h) i o s (downloads h) (dht_nodes h).
Definition set_downloads (v : list download) (h : Handshake) : Handshake :=
  mkHandshake (m_state h) (m_incoming h) (m_address h) (m_options h) (m_peerInfo h) (m_download h) (m_proxy h)
    (m_bitfield h) (m_readPos h) (m_writePos h) (m_readDone h) (m_writeDone h) (m_encryption h) (m_extensions h)
    (m_readBuffer h) (m_writeBuffer h) (in_read h) (in_write h) (net_in h) (net_out h) (sent h) v (dht_nodes h).
Definition set_dht_nodes (v : list (sockaddr * Z)) (h : Handshake) : Handshake :=
  mkHandshake (m_state h) (m_incoming h) (m_address h) (m_options h) (m_peerInfo h) (m_download h) (m_proxy h)
    (m_bitfield h) (m_readPos h) (m_writePos h) (m_readDone h) (m_writeDone h) (m_encryption h) (m_extensions h)
    (m_readBuffer h) (m_writeBuffer h) (in_read h) (in_write h) (net_in h) (net_out h) (sent h) (downloads h) v.

(** ** The monad of the handlers *)

Inductive exception :=
| handshake_succeeded
| handshake_error (type error : Z)
| network_error
| other_error (e : exn).

Inductive outcome (A : Type) :=
| Ret (a : A) (h : Handshake)
| Exc (e : exception) (h : Handshake)
| Undefined.
Arguments Ret {A}.
Arguments Exc {A}.
Arguments Undefined {A}.

Definition M (A : Type) : Type := Handshake -> outcome A.
#[global] Instance M_ret : MRet M := fun A a h => Ret a h.
#[global] Instance M_bind : MBind M := fun A B f m h =>
  match m h with
  | Ret a h => f a h
  | Exc e h => Exc e h
  | Undefined => Undefined
  end.

Definition throw {A} (e : exception) : M A := fun h => Exc e h.
Definition throw_if (b : bool) (e : exception) : M unit := if b then throw e else mret tt.
Definition gets {A} (f : Handshake -> A) : M A := fun h => Ret (f h) h.
Definition modify (f : Handshake -> Handshake) : M unit := fun h => Ret tt (f h).
(** A [communication_error] is a network error. *)
Definition lift {A} (r : res A) : M A := fun h =>
  match r with
  | Ok a => Ret a h
  | Throw communication_error => Exc network_error h
  | Throw e => Exc (other_error e) h
  | UB => Undefined
  end.

Definition fail_with {A} (t e : Z) : M A := throw (handshake_error t e).

(** ** The socket *)

(** [recv] gives at most [length] bytes; what is left over is given next. *)
Definition read_unthrottled (length : Z) : M bytes := fun h =>
  if length =? 0 then Exc (other_error internal_error) h
  else
    match net_in h with
    | [] => Ret [] h
    | RecvBlocked :: l => Ret [] (set_net l (net_out h) (sent h) h)
    | RecvFailed :: l => Exc network_error (set_net l (net_out h) (sent h) h)
    | Received s :: l =>
        let s1 := take (Z.to_nat length) s in
        let s2 := drop (Z.to_nat length) s in
        Ret s1 (set_net (match s2 with [] => l | _ => Received s2 :: l end) (net_out h) (sent h) h)
    end.

(** [send] takes all of the data when the script is at its end. *)
Definition write_unthrottled (s : bytes) : M Z := fun h =>
  match s with
  | [] => Exc (other_error internal_error) h
  | _ =>
    match net_out h with
    | [] => Ret (zlen s) (set_net (net_in h) [] (sent h ++ s) h)
    | SendBlocked :: l => Ret 0 (set_net (net_in h) l (sent h) h)
    | SendFailed :: l => Exc network_error (set_net (net_in h) l (sent h) h)
    | Accepted n :: l =>
        let k := Z.max 1 (Z.min n (zlen s)) in
        Ret k (set_net (net_in h) l (sent h ++ take (Z.to_nat k) s) h)
    end
  end.

(** ** Buffers *)

Definition rb {A} (f : ProtocolBuffer -> res (A * ProtocolBuffer)) : M A :=
  b ← gets m_readBuffer; '(a, b) ← lift (f b); modify (set_read_buffer b);; mret a.
Definition rb_upd (f : ProtocolBuffer -> ProtocolBuffer) : M unit :=
  modify (fun h => set_read_buffer (f (m_readBuffer h)) h).
Definition wb_write (s : bytes) : M unit :=
  b ← gets m_writeBuffer; b ← lift (write_range b s); modify (set_write_buffer b).
Definition read_remaining : M Z := gets (fun h => remaining (m_readBuffer h)).
Definition rb_consume (n : Z) : M unit := rb_upd (fun b => snd (consume b n)).
Definition peek_bytes (n : Z) : M bytes :=
  b ← gets m_readBuffer; lift (mem_read b (m_position b) (Z.to_nat n)).

(** Reading from the socket to the end of the buffer; the bytes read. *)
Definition read_to_end (length : Z) : M bytes :=
  s ← read_unthrottled length;
  b ← gets m_readBuffer;
  b ← lift (mem_write b (m_end b) s);
  modify (set_read_buffer (move_end b (zlen s)));;
  mret s.

(** Decrypting [n] bytes of the read buffer in place. *)
Definition decrypt_at (pos n : Z) : M unit :=
  b ← gets m_readBuffer;
  s ← lift (mem_read b pos (Z.to_nat n));
  e ← gets m_encryption;
  '(i, s) ← lift (decrypt (m_info e) s);
  b ← lift (mem_write b pos s);
  modify (set_encryption (with_info e i));;
  modify (set_read_buffer b).

(** Bytes written encrypted. *)
Definition encrypt_bytes (s : bytes) : M bytes :=
  e ← gets m_encryption;
  '(i, s) ← lift (encrypt (m_info e) s);
  modify (set_encryption (with_info e i));;
  mret s.
(** Written, and encrypted in place when the stream is. *)
Definition wb_write_enc (s : bytes) : M unit :=
  e ← gets m_encryption;
  s ← (if is_encrypted (m_info e) then encrypt_bytes s else mret s);
  wb_write s.

Definition update_policy (f : EncryptionPolicy -> EncryptionPolicy) : M unit :=
  modify (fun h => set_encryption (with_policy (m_encryption h) (f (m_policy (m_encryption h)))) h).
Definition get_policy : M EncryptionPolicy := gets (fun h => m_policy (m_encryption h)).

Definition the_download : M download :=
  h ← gets (fun h => h); i ← lift (of_deref (m_download h)); lift (of_deref (downloads h !! i)).
Definition update_download (d : download) : M unit :=
  h ← gets (fun h => h); i ← lift (of_deref (m_download h)); modify (set_downloads (<[i := d]> (downloads h))).
Definition the_peer : M PeerInfo :=
  d ← the_download; p ← gets m_peerInfo; p ← lift (of_deref p); lift (peer (d_peers d) p).
Definition update_the_peer (f : PeerInfo -> PeerInfo) : M unit :=
  d ← the_download; p ← gets m_peerInfo; p ← lift (of_deref p);
  l ← lift (update_peer p f (d_peers d)); update_download (with_d_peers d l).

Definition fill_read_buffer (size : Z) : M bool :=
  r ← read_remaining;
  (if r <? size then
     b ← gets m_readBuffer;
     throw_if (reserved_left b <? size - r) (other_error internal_error);;
     s ← read_to_end (size - r);
     e ← gets m_encryption;
     if decrypt_valid (m_info e) then
       b ← gets m_readBuffer; decrypt_at (m_end b - zlen s) (zlen s)
     else mret tt
   else mret tt);;
  r ← read_remaining;
  mret (size <=? r).

Definition validate_download : M unit :=
  h ← gets (fun h => h);
  match m_download h with
  | None => fail_with handshake_dropped e_handshake_unknown_download
  | Some _ =>
      d ← the_download;
      throw_if (negb (d_active d)) (handshake_error handshake_dropped e_handshake_inactive_download);;
      throw_if (negb (d_accepting d)) (handshake_error handshake_dropped e_handshake_not_accepting_connections)
  end.

(** ** What is written *)

Section steps.
Variable env : Env.

(** [insert_read], [remove_read], [insert_write] and [remove_write]. *)
Definition insert_read : M unit := modify (fun h => set_poll true (in_write h) h).
Definition remove_read : M unit := modify (fun h => set_poll false (in_write h) h).
Definition insert_write : M unit := modify (fun h => set_poll (in_read h) true h).
Definition remove_write : M unit := modify (fun h => set_poll (in_read h) false h).
Definition to_state (s : State) : M unit := modify (set_state s).

Definition pad_bytes : bytes :=
  (fun i => u8 (random_byte env i)) <$> seq 0 (Z.to_nat (random_length env mod enc_pad_size)).

Definition prepare_key_plus_pad : M unit :=
  e ← gets m_encryption;
  '(ok, e) ← lift (initialize e (generated env));
  modify (set_encryption e);;
  throw_if (negb ok) (handshake_error handshake_failed e_handshake_invalid_value);;
  k ← lift (of_deref (m_key e));
  s ← lift (store_pub_key k 96);
  wb_write s;;
  wb_write pad_bytes.

Definition handshake_options : bytes := [0; 0; 0; 0; 0; 16; 0; if dht_active env then 1 else 0].

Definition prepare_handshake : M unit :=
  d ← the_download;
  wb_write_enc ([19] ++ m_protocol ++ handshake_options ++ take 20 (d_hash d) ++ take 20 (d_local_id d)).

(** The streams that are offered. *)
Definition crypto_provide (p : EncryptionPolicy) : M Z :=
  if allow_plaintext_stream p && allow_encrypted_stream p then mret (Z.lor crypto_plaintext crypto_encrypted)
  else if allow_plaintext_stream p then mret crypto_plaintext
  else if allow_encrypted_stream p then mret crypto_encrypted
  else throw (other_error internal_error).

Definition prepare_enc_negotiation : M unit :=
  e ← gets m_encryption;
  s ← lift (salted_secret e req1);
  wb_write s;;
  d ← the_download;
  s ← lift (salted_secret e req3);
  wb_write (xor_bytes (take 20 (d_hash_obfuscated d)) s);;
  incoming ← gets m_incoming;
  e ← lift (initialize_encrypt e (d_hash d) incoming);
  modify (set_encryption e);;
  c ← crypto_provide (m_policy e);
  s ← encrypt_bytes (vc_data ++ be 4 c ++ be 2 0 ++ be 2 handshake_size);
  wb_write s;;
  prepare_handshake.

Definition prepare_bitfield : M unit :=
  d ← the_download;
  wb_write_enc (be 4 (u32 (Bitfield.size_bytes (d_bitfield d) + 1)) ++ [protocol_bitfield]);;
  modify (set_write_pos 0).

Definition write_done : M unit :=
  modify (set_write_done true);;
  remove_write;;
  done ← gets m_readDone;
  throw_if done handshake_succeeded.

Definition prepare_post_handshake (must_write : bool) : M unit :=
  d ← the_download;
  pos ← gets m_writePos;
  throw_if (negb (pos =? Bitfield.size_bytes (d_bitfield d))) (other_error internal_error);;
  to_state POST_HANDSHAKE;;
  p ← the_peer;
  let port := if supports_dht p && dht_receiving env then be 4 3 ++ [protocol_port] ++ be 2 (dht_port env) else [] in
  let msg := match port with [] => if must_write then be 4 0 else [] | _ => port end in
  wb_write_enc msg;;
  b ← gets m_writeBuffer;
  if remaining b =? 0 then write_done else mret tt.

Definition write_extension_handshake : M unit :=
  e ← gets m_extensions;
  let e := if Extensions.is_default e then Extensions.new_extension else e in
  d ← the_download;
  let x := d_side d in
  let '(e, x) := if d_pex d && (Extensions.x_size_pex x <? d_max_size_pex d)
                 then Extensions.set_local_enabled Extensions.UT_PEX e x else (e, x) in
  modify (set_extensions e);;
  update_download (with_side d x);;
  m ← lift (Extensions.generate_handshake_message (encryption_modes env) (listen_port env) (version env) e x);
  wb_write_enc (be 4 (u32 (zlen m + 2)) ++ [protocol_extension; Extensions.HANDSHAKE] ++ m).

(** ** What is read *)

Definition read_proxy : M bool :=
  b ← gets m_readBuffer;
  throw_if (reserved_left b =? 0) (handshake_error handshake_dropped e_handshake_invalid_value);;
  _ ← read_to_end (reserved_left b);
  p ← gets m_proxy;
  p ← lift (of_deref p);
  r ← read_remaining;
  s ← peek_bytes r;
  '(n, p) ← lift (Proxy.read p s);
  modify (set_proxy (Some p));;
  rb_consume n;;
  match Proxy.next_action p with
  | Proxy.state_writing => remove_read;; insert_write;; to_state PROXY_WRITE;; mret false
  | Proxy.state_reading => mret false
  | Proxy.state_done =>
      b ← gets m_readBuffer; b ← lift (move_unused b); modify (set_read_buffer b);; to_state PROXY_DONE;; mret true
  | Proxy.state_error => fail_with handshake_dropped e_handshake_invalid_value
  end.

(** Twenty bytes that start a handshake without encryption. *)
Definition is_plain (s : bytes) : bool := bool_decide (s = 19 :: m_protocol).

(** The part of [read_encryption_key] that is left once the key is there. *)
Definition take_key : M unit :=
  update_policy set_retry_disabled;;
  incoming ← gets m_incoming;
  (if incoming : bool then prepare_key_plus_pad else mret tt);;
  pub ← peek_bytes 96;
  e ← gets m_encryption;
  k ← lift (of_deref (m_key e));
  let '(ok, k) := compute_secret k pub in
  modify (set_encryption (with_key e k));;
  throw_if (negb ok) (handshake_error handshake_failed e_handshake_invalid_encryption);;
  rb_consume 96;;
  e ← gets m_encryption;
  (if incoming : bool then
     e ← lift (hash_req1_to_sync e); modify (set_encryption e)
   else
     d ← the_download;
     e ← lift (encrypt_vc_to_sync e (d_hash d)); modify (set_encryption e);;
     prepare_enc_negotiation);;
  to_state READ_ENC_SYNC.

Definition read_key : M bool :=
  r ← read_remaining;
  (if r <? enc_pad_read_size then _ ← read_to_end (enc_pad_read_size - r); mret tt else mret tt);;
  b ← gets m_readBuffer;
  if size_end b <? 96 then mret false
  else take_key;; mret true.

Definition read_encryption_key : M bool :=
  incoming ← gets m_incoming;
  if incoming : bool then
    r ← read_remaining;
    (if r <? 20 then _ ← read_to_end (20 - r); mret tt else mret tt);;
    r ← read_remaining;
    if r <? 20 then mret false
    else
      s ← peek_bytes 20;
      if is_plain s then
        p ← get_policy;
        throw_if (require_encrypted_handshake p) (handshake_error handshake_dropped e_handshake_unencrypted_rejected);;
        to_state READ_INFO;; mret true
      else read_key
  else read_key.

(** [std::search] for the synchronisation string; where it is. *)
Definition find_sync : M (option Z) :=
  r ← read_remaining;
  s ← peek_bytes r;
  e ← gets m_encryption;
  mret (Z.of_nat <$> match Proxy.search (m_sync e) s with
                     | Some i => if (i <? length s)%nat then Some i else None
                     | None => None
                     end).

Definition found_sync (i : Z) : M bool :=
  incoming ← gets m_incoming;
  if incoming : bool then rb_consume (i + 20);; to_state READ_ENC_SKEY;; mret true
  else rb_consume i;; to_state READ_ENC_NEGOT;; mret true.

Definition read_encryption_sync : M bool :=
  i ← find_sync;
  match i with
  | Some i => found_sync i
  | None =>
      e ← gets m_encryption;
      r ← read_remaining;
      let toRead := enc_pad_size + zlen (m_sync e) - r in
      throw_if (toRead <=? 0) (handshake_error handshake_failed e_handshake_encryption_sync_failed);;
      _ ← read_to_end toRead;
      i ← find_sync;
      match i with
      | Some i => found_sync i
      | None => mret false
      end
  end.

(** The download with a hash; the first of the list. *)
Fixpoint find_download (f : download -> bool) (l : list download) : option nat :=
  match l with
  | [] => None
  | d :: l => if f d then Some O else S <$> find_download f l
  end.

Definition read_encryption_skey : M bool :=
  ok ← fill_read_buffer 20;
  if negb ok then mret false
  else
    s ← peek_bytes 20;
    e ← gets m_encryption;
    hash ← lift (deobfuscate_hash e s);
    b ← gets m_readBuffer;
    b ← lift (mem_write b (m_position b) hash);
    modify (set_read_buffer b);;
    ds ← gets downloads;
    modify (set_download (find_download (fun d => bool_decide (d_hash_obfuscated d = hash)) ds));;
    rb_consume 20;;
    validate_download;;
    d ← the_download;
    throw_if (d_meta d) (handshake_error handshake_dropped e_handshake_invalid_encryption);;
    incoming ← gets m_incoming;
    e ← lift (initialize_encrypt e (d_hash d) incoming);
    e ← lift (initialize_decrypt e (d_hash d) incoming);
    modify (set_encryption e);;
    b ← gets m_readBuffer;
    decrypt_at (m_position b) (remaining b);;
    s ← encrypt_bytes vc_data;
    wb_write s;;
    to_state READ_ENC_NEGOT;;
    mret true.

(** The stream that is chosen of those a peer offers. *)
Definition selected_mode (e : HandshakeEncryption) : M Z :=
  let p := m_policy e in
  if has_stream_both e then mret (if prefer_encrypted_stream p then crypto_encrypted else crypto_plaintext)
  else if has_stream_plaintext e then
    throw_if (negb (allow_plaintext_stream p)) (handshake_error handshake_failed e_handshake_unencrypted_rejected);;
    mret crypto_plaintext
  else if has_stream_encrypted e then
    throw_if (negb (allow_encrypted_stream p)) (handshake_error handshake_failed e_handshake_invalid_encryption);;
    mret crypto_encrypted
  else fail_with handshake_failed e_handshake_invalid_encryption.

Definition choose_stream : M unit :=
  incoming ← gets m_incoming;
  e ← gets m_encryption;
  if incoming : bool then
    c ← selected_mode e;
    modify (set_encryption (set_crypto e c));;
    s ← encrypt_bytes (be 4 c ++ be 2 0);
    wb_write s
  else if is_stream_plaintext e then
    throw_if (require_encrypted_stream (m_policy e)) (handshake_error handshake_failed e_handshake_unencrypted_rejected);;
    b ← gets m_readBuffer;
    pos ← gets m_readPos;
    decrypt_at (m_position b) (Z.min pos (remaining b))
  else if is_stream_encrypted e then
    throw_if (require_plaintext_stream (m_policy e)) (handshake_error handshake_failed e_handshake_invalid_encryption);;
    b ← gets m_readBuffer;
    decrypt_at (m_position b) (remaining b)
  else fail_with handshake_failed e_handshake_invalid_encryption.

Definition read_encryption_negotiation : M bool :=
  ok ← fill_read_buffer enc_negotiation_size;
  if negb ok then mret false
  else
    incoming ← gets m_incoming;
    (if incoming : bool then mret tt
     else
       d ← the_download;
       e ← gets m_encryption;
       e ← lift (initialize_decrypt e (d_hash d) incoming);
       modify (set_encryption e);;
       b ← gets m_readBuffer;
       decrypt_at (m_position b) enc_negotiation_size);;
    vc ← peek_bytes vc_length;
    throw_if (negb (compare_vc vc)) (handshake_error handshake_failed e_handshake_invalid_value);;
    rb_consume vc_length;;
    c ← rb read_32;
    modify (fun h => set_encryption (set_crypto (m_encryption h) c) h);;
    pos ← rb read_16;
    modify (set_read_pos pos);;
    throw_if (enc_pad_size <? pos) (handshake_error handshake_failed e_handshake_invalid_value);;
    choose_stream;;
    to_state READ_ENC_PAD;;
    mret true.

Definition obfuscate_if_plaintext : M unit :=
  e ← gets m_encryption;
  if is_stream_plaintext e then modify (set_encryption (with_info e (set_obfuscated (m_info e)))) else mret tt.

Definition read_negotiation_reply : M bool :=
  incoming ← gets m_incoming;
  if negb incoming then obfuscate_if_plaintext;; to_state READ_INFO;; mret true
  else
    ok ← fill_read_buffer 2;
    if negb ok then mret false
    else
      len ← rb read_16;
      modify (fun h => set_encryption (set_length_ia (m_encryption h) len) h);;
      throw_if (handshake_size <? len) (handshake_error handshake_failed e_handshake_invalid_value);;
      to_state READ_ENC_IA;;
      mret true.

Definition not_bittorrent (s : bytes) : bool :=
  ((1 <=? zlen s) && negb (nth 0 s 0 =? 19)) ||
  ((20 <=? zlen s) && negb (bool_decide (take 19 (drop 1 s) = m_protocol))).

Definition read_info : M bool :=
  _ ← fill_read_buffer handshake_size;
  r ← read_remaining;
  s ← peek_bytes r;
  throw_if (not_bittorrent s) (handshake_error handshake_failed e_handshake_not_bittorrent);;
  if r <? part1_size then mret false
  else
    rb_consume 20;;
    o ← rb (fun b => read_len b 8);
    modify (set_options o);;
    hash ← peek_bytes 20;
    incoming ← gets m_incoming;
    (if incoming : bool then
       i ← gets m_download;
       (match i with
        | Some _ =>
            d ← the_download;
            throw_if (negb (bool_decide (d_hash d = hash))) (handshake_error handshake_failed e_handshake_invalid_value)
        | None =>
            ds ← gets downloads;
            modify (set_download (find_download (fun d => bool_decide (d_hash d = hash)) ds))
        end);;
       validate_download;;
       prepare_handshake
     else
       update_policy set_retry_disabled;;
       d ← the_download;
       throw_if (negb (bool_decide (d_hash d = hash))) (handshake_error handshake_failed e_handshake_invalid_value));;
    rb_consume 20;;
    to_state READ_PEER;;
    mret true.

Definition prepare_peer_info : M unit :=
  d ← the_download;
  id ← peek_bytes 20;
  throw_if (bool_decide (id = d_local_id d)) (handshake_error handshake_failed e_handshake_is_self);;
  p ← gets m_peerInfo;
  (match p with
   | Some _ => mret tt
   | None =>
       incoming ← gets m_incoming;
       throw_if (negb incoming) (other_error internal_error);;
       a ← gets m_address;
       '(p, l) ← lift (connected (ipv4_table env) (seconds env) (fresh env) a connect_incoming (d_peers d));
       update_download (with_d_peers d l);;
       modify (set_peer_info p);;
       throw_if (match p with None => true | Some _ => false end)
         (handshake_error handshake_failed e_handshake_no_peer_info);;
       i ← the_peer;
       throw_if (max_failed <? m_failedCounter i) (handshake_error handshake_dropped e_handshake_toomanyfailed);;
       update_the_peer (fun i => set_flags i flag_handshake)
   end);;
  o ← gets m_options;
  update_the_peer (fun i => set_id (PeerInfo.set_options i o) id);;
  rb_consume 20;;
  i ← the_peer;
  throw_if (d_meta d && negb (supports_extensions i)) (handshake_error handshake_dropped e_handshake_unwanted_connection).

Definition sends_no_bitfield (d : download) : bool := Bitfield.is_all_unset (d_bitfield d) || d_initial_seeding d.

Definition read_peer : M bool :=
  ok ← fill_read_buffer 20;
  if negb ok then mret false
  else
    prepare_peer_info;;
    i ← the_peer;
    (if supports_extensions i then write_extension_handshake else mret tt);;
    d ← the_download;
    (if sends_no_bitfield d then
       modify (set_write_pos (Bitfield.size_bytes (d_bitfield d)));;
       wb_write_enc (be 4 0)
     else prepare_bitfield);;
    to_state READ_MESSAGE;;
    insert_write;;
    mret true.

(** [n] bytes of the bitfield replaced at [pos]. *)
Definition put_bitfield (pos : Z) (s : bytes) (bf : Bitfield.Bitfield) : res Bitfield.Bitfield :=
  data ← of_deref (Bitfield.m_data bf);
  _ ← ub_when (zlen data <? pos + zlen s);
  Ok (Bitfield.mkBitfield (Bitfield.m_size bf) (Bitfield.m_set bf)
        (Some (take (Z.to_nat pos) data ++ s ++ drop (Z.to_nat pos + length s) data))).

Definition read_bitfield : M bool :=
  bf ← gets m_bitfield;
  pos ← gets m_readPos;
  (if pos <? Bitfield.size_bytes bf then
     s ← read_unthrottled (Bitfield.size_bytes bf - pos);
     e ← gets m_encryption;
     s ← (if decrypt_valid (m_info e) then
            '(i, s) ← lift (decrypt (m_info e) s); modify (set_encryption (with_info e i));; mret s
          else mret s);
     bf ← lift (put_bitfield pos s bf);
     modify (set_bitfield bf);;
     modify (set_read_pos (u32 (pos + zlen s)))
   else mret tt);;
  pos ← gets m_readPos;
  mret (pos =? Bitfield.size_bytes bf).

(** The message has to fit with five more bytes; the unread bytes may be moved
    to the front for that. *)
Definition make_room : M unit :=
  b ← gets m_readBuffer;
  n ← lift (peek_32 b);
  throw_if (reserved b <? n) (handshake_error handshake_failed e_handshake_invalid_value);;
  let need := n + 4 - remaining b in
  if reserved_left b <? need + 5 then
    b ← lift (move_unused b);
    modify (set_read_buffer b);;
    throw_if (reserved_left b <? need + 5) (handshake_error handshake_failed e_handshake_invalid_value)
  else mret tt.

Definition read_extension : M bool :=
  make_room;;
  b ← gets m_readBuffer;
  n ← lift (peek_32 b);
  ok ← fill_read_buffer (n + 4);
  if negb ok then mret false
  else
    n ← rb read_32;
    let length := u32 (n - 2) in
    _ ← rb read_8;
    ty ← rb read_8;
    e ← gets m_extensions;
    e ← lift (Extensions.read_start ty length false e);
    s ← peek_bytes length;
    e ← lift (Extensions.read_data s e);
    throw_if (negb (Extensions.is_complete e)) (other_error internal_error);;
    modify (set_extensions e);;
    d ← the_download;
    p ← gets m_peerInfo;
    p ← lift (of_deref p);
    '(_, e, x, _) ← lift (Extensions.read_done (reallocates env) (seconds env) p e (d_side d));
    modify (set_extensions e);;
    update_download (with_side d x);;
    rb_consume length;;
    mret true.

Definition read_port : M bool :=
  make_room;;
  b ← gets m_readBuffer;
  n ← lift (peek_32 b);
  ok ← fill_read_buffer (n + 4);
  if negb ok then mret false
  else
    n ← rb read_32;
    let length := u32 (n - 1) in
    _ ← rb read_8;
    (if length =? 2 then
       b ← gets m_readBuffer;
       port ← lift (peek_16 b);
       modify (fun h => set_dht_nodes (dht_nodes h ++ [(m_address h, port)]) h)
     else mret tt);;
    rb_consume length;;
    mret true.

Definition read_done : M unit :=
  done ← gets m_readDone;
  throw_if done (other_error internal_error);;
  modify (set_read_done true);;
  remove_read;;
  bf ← gets m_bitfield;
  d ← the_download;
  bf ← lift (if Bitfield.empty bf then
               bf ← Bitfield.set_size_bits bf (Bitfield.size_bits (d_bitfield d)); Bitfield.unset_all (Bitfield.allocate bf)
             else Bitfield.update bf);
  modify (set_bitfield bf);;
  pos ← gets m_writePos;
  (if pos =? Bitfield.size_bytes (d_bitfield d) then prepare_post_handshake (sends_no_bitfield d) else mret tt);;
  done ← gets m_writeDone;
  throw_if done handshake_succeeded.

(** ** The handlers *)

(** A case of the switch of [event_read] ends with [break], goes on with the
    case of the new state, or leaves for [event_write]. *)
Inductive flow := Break | Again | LeaveForWrite.

Definition again (b : bool) : flow := if b then Again else Break.

Definition start_bitfield : M flow :=
  d ← the_download;
  bf ← gets m_bitfield;
  throw_if (negb (Bitfield.empty bf)) (handshake_error handshake_failed e_handshake_invalid_value);;
  n ← rb read_32;
  throw_if (negb (n =? u32 (Bitfield.size_bytes (d_bitfield d) + 1))) (handshake_error handshake_failed e_handshake_invalid_value);;
  _ ← rb read_8;
  bf ← lift (Bitfield.set_size_bits bf (Bitfield.size_bits (d_bitfield d)));
  let bf := Bitfield.allocate bf in
  r ← read_remaining;
  let pos := Z.min (Bitfield.size_bytes bf) r in
  s ← peek_bytes pos;
  bf ← lift (put_bitfield 0 s bf);
  modify (set_bitfield bf);;
  modify (set_read_pos pos);;
  rb_consume pos;;
  to_state READ_BITFIELD;;
  mret Again.

Definition case_message : M flow :=
  d ← the_download;
  if d_meta d then
    bf ← gets m_bitfield;
    bf ← lift (bf ← Bitfield.set_size_bits bf 1; Bitfield.set (Bitfield.allocate bf) 0);
    modify (set_bitfield bf);;
    read_done;; mret Break
  else
    b ← gets m_readBuffer;
    (if reserved_left b <? 5 then b ← lift (move_unused b); modify (set_read_buffer b) else mret tt);;
    _ ← fill_read_buffer 5;
    b ← gets m_readBuffer;
    keep_alive ← lift (if 4 <=? remaining b then n ← peek_32 b; Ok (n =? 0) else Ok false);
    if keep_alive : bool then _ ← rb read_32; read_done;; mret Break
    else if remaining b <? 5 then mret Break
    else
      modify (set_read_pos 0);;
      c ← lift (s ← mem_read b (m_position b + 4) 1; Ok (be_combine s));
      e ← gets m_extensions;
      if c =? protocol_bitfield then start_bitfield
      else if (c =? protocol_extension) && Extensions.is_initial_handshake e then to_state READ_EXT;; mret Again
      else if c =? protocol_port then to_state READ_PORT;; mret Again
      else read_done;; mret Break.

Definition case_command : M flow :=
  st ← gets m_state;
  ok ← (match st with
        | READ_BITFIELD => read_bitfield
        | READ_EXT => read_extension
        | _ => read_port
        end);
  if negb ok then mret Break
  else
    to_state READ_MESSAGE;;
    bf ← gets m_bitfield;
    i ← the_peer;
    e ← gets m_extensions;
    if negb (Bitfield.empty bf) && (negb (supports_extensions i) || negb (Extensions.is_initial_handshake e))
    then read_done;; mret Break
    else mret Again.

Definition case_pad : M flow :=
  pos ← gets m_readPos;
  incoming ← gets m_incoming;
  ok ← (if pos =? 0 then mret true
        else
          ok ← fill_read_buffer (pos + (if incoming : bool then 2 else 0));
          if negb ok then mret false
          else rb_consume pos;; modify (set_read_pos 0);; mret true);
  if negb ok then mret Break else ok ← read_negotiation_reply; mret (again ok).

Definition case_ia : M flow :=
  e ← gets m_encryption;
  let len := m_lengthIA e in
  ok ← (if 0 <? len then fill_read_buffer len else mret true);
  if negb ok then mret Break
  else
    r ← read_remaining;
    throw_if (len <? r) (handshake_error handshake_failed e_handshake_invalid_value);;
    obfuscate_if_plaintext;;
    to_state READ_INFO;;
    mret Again.

Definition switch_read : M flow :=
  st ← gets m_state;
  match st with
  | PROXY_READ => ok ← read_proxy; mret (if ok : bool then LeaveForWrite else Break)
  | READ_ENC_KEY => ok ← read_encryption_key; mret (again ok)
  | READ_ENC_SYNC => ok ← read_encryption_sync; mret (again ok)
  | READ_ENC_SKEY => ok ← read_encryption_skey; mret (again ok)
  | READ_ENC_NEGOT => ok ← read_encryption_negotiation; mret (again ok)
  | READ_ENC_PAD => case_pad
  | READ_ENC_IA => case_ia
  | READ_INFO => ok ← read_info; mret (again ok)
  | READ_PEER => ok ← read_peer; mret (again ok)
  | READ_MESSAGE | POST_HANDSHAKE => case_message
  | READ_BITFIELD | READ_EXT | READ_PORT => case_command
  | _ => throw (other_error internal_error)
  end.

(** The rounds of [goto restart], with [false] when the fuel is used up. *)
Fixpoint read_loop (fuel : nat) : M (option flow) :=
  match fuel with
  | O => mret None
  | S fuel =>
      f ← switch_read;
      match f with
      | Again => read_loop fuel
      | f => mret (Some f)
      end
  end.

Definition script_bytes (l : list recv_answer) : nat :=
  sum_list_with (fun a => match a with Received s => length s | _ => O end) l.

(** Every state but those of messages comes once, and every message takes
    bytes: see [read_loop_ends]. *)
Definition read_fuel (h : Handshake) : nat :=
  (20 + 2 * (script_bytes (net_in h) + Z.to_nat (remaining (m_readBuffer h))))%nat.

(** ** Writing *)

Definition write_proxy : M unit :=
  p ← gets m_proxy;
  p ← lift (of_deref p);
  throw_if (negb (bool_decide (Proxy.next_action p = Proxy.state_writing))) (other_error internal_error);;
  b ← gets m_writeBuffer;
  '(s, p) ← lift (Proxy.write p (reserved_left b));
  modify (set_proxy (Some p));;
  wb_write s;;
  throw_if (zlen s =? 0) (other_error internal_error);;
  match Proxy.next_action p with
  | Proxy.state_reading => remove_write;; insert_read;; to_state PROXY_READ
  | _ => throw (other_error internal_error)
  end.

(** Sending the unsent part of the buffer; whether nothing is left. *)
Definition flush_buffer : M bool :=
  b ← gets m_writeBuffer;
  s ← lift (mem_read b (m_position b) (Z.to_nat (remaining b)));
  n ← write_unthrottled s;
  let '(all, b) := consume b n in
  modify (set_write_buffer b);;
  mret all.

(** The encrypted bitfield goes through the buffer; [m_writePos] counts what
    was sent of it. *)
Definition write_bitfield_encrypted (data : bytes) (size : Z) : M unit :=
  pos ← gets m_writePos;
  (if pos =? 0 then modify (fun h => set_write_buffer (reset (m_writeBuffer h)) h) else mret tt);;
  b ← gets m_writeBuffer;
  let length := u32 (Z.min (u32 (size - pos)) (reserved b) - size_end b) in
  (if 0 <? length then
     lift (ub_when (zlen data <? pos + size_end b + length));;
     s ← encrypt_bytes (take (Z.to_nat length) (drop (Z.to_nat (pos + size_end b)) data));
     b ← lift (mem_write b (m_end b) s);
     modify (set_write_buffer (move_end b length))
   else mret tt);;
  b ← gets m_writeBuffer;
  s ← lift (mem_read b 0 (Z.to_nat (size_end b)));
  n ← write_unthrottled s;
  modify (set_write_pos (u32 (pos + n)));;
  b ← lift (if negb (n =? size_end b) && (0 <? n) then
              t ← mem_read b n (Z.to_nat (size_end b - n)); mem_write b 0 t
            else Ok b);
  modify (set_write_buffer (move_end b (- n))).

Definition write_bitfield_plain (data : bytes) (size : Z) : M unit :=
  pos ← gets m_writePos;
  lift (ub_when (zlen data <? size));;
  n ← write_unthrottled (drop (Z.to_nat pos) (take (Z.to_nat size) data));
  modify (set_write_pos (u32 (pos + n))).

Definition write_bitfield : M unit :=
  d ← the_download;
  let size := Bitfield.size_bytes (d_bitfield d) in
  done ← gets m_writeDone;
  throw_if done (other_error internal_error);;
  b ← gets m_writeBuffer;
  ok ← (if remaining b =? 0 then mret true else flush_buffer);
  if negb ok then mret tt
  else
    pos ← gets m_writePos;
    e ← gets m_encryption;
    (if pos =? size then mret tt
     else
       data ← lift (of_deref (Bitfield.m_data (d_bitfield d)));
       if is_encrypted (m_info e) then write_bitfield_encrypted data size else write_bitfield_plain data size);;
    pos ← gets m_writePos;
    if pos =? size then
      done ← gets m_readDone;
      if negb done then remove_write else prepare_post_handshake false
    else mret tt.

(** The first message after the connection is there. *)
Definition start_outgoing : M unit :=
  b ← gets m_writeBuffer;
  throw_if (negb (remaining b =? 0)) (handshake_error handshake_failed e_handshake_not_bittorrent);;
  modify (fun h => set_write_buffer (reset (m_writeBuffer h)) h);;
  p ← get_policy;
  if prefer_encrypted_handshake p then
    prepare_key_plus_pad;;
    (if negb (m_retrying p) && allow_plaintext_handshake p then update_policy set_retry_plaintext else mret tt);;
    to_state READ_ENC_KEY
  else
    prepare_handshake;;
    (if negb (m_retrying p) && allow_encrypted_handshake p then update_policy set_retry_encrypted else mret tt);;
    incoming ← gets m_incoming;
    to_state (if incoming : bool then READ_PEER else READ_INFO).

(** What follows the switch. *)
Definition flush : M unit :=
  b ← gets m_writeBuffer;
  throw_if (remaining b =? 0) (other_error internal_error);;
  all ← flush_buffer;
  if all : bool then
    st ← gets m_state;
    if bool_decide (st = POST_HANDSHAKE) then write_done else remove_write
  else mret tt.

Definition connected_or_proxy : M unit :=
  p ← gets m_proxy;
  match p with
  | Some _ => write_proxy;; flush
  | None => insert_read;; start_outgoing;; flush
  end.

(** [socket_error] is what the socket reports. *)
Definition switch_write (socket_error : Z) : M unit :=
  st ← gets m_state;
  match st with
  | CONNECTING =>
      throw_if (negb (socket_error =? 0)) (handshake_error handshake_failed e_handshake_network_unreachable);;
      connected_or_proxy
  | PROXY_WRITE => connected_or_proxy
  | PROXY_DONE => start_outgoing;; flush
  | READ_MESSAGE | READ_BITFIELD | READ_EXT => write_bitfield
  | _ => flush
  end.

(** What a handler reports to the manager. *)
Inductive event_result :=
| Going (h : Handshake)
| Succeeded (h : Handshake)
| Failed (type error : Z) (h : Handshake)
| Escaped (e : exn) (h : Handshake)
| OutOfFuel
| Broken.

(** The handlers of the exceptions; [code] is the error of the direction. *)
Definition caught {A} (code : Z) (o : outcome A) (k : A -> Handshake -> event_result) : event_result :=
  match o with
  | Ret a h => k a h
  | Exc handshake_succeeded h => Succeeded h
  | Exc (handshake_error t e) h => Failed t e h
  | Exc network_error h => Failed handshake_failed code h
  | Exc (other_error e) h => Escaped e h
  | Undefined => Broken
  end.

Definition event_write (socket_error : Z) (h : Handshake) : event_result :=
  caught e_handshake_network_write_error (switch_write socket_error h) (fun _ h => Going h).

Definition event_read (h : Handshake) : event_result :=
  caught e_handshake_network_read_error (read_loop (read_fuel h) h)
    (fun f h =>
       match f with
       | None => OutOfFuel
       | Some LeaveForWrite => event_write 0 h
       | Some _ =>
           if negb (remaining (m_writeBuffer h) =? 0) && negb (in_write h)
           then event_write 0 (set_poll (in_read h) true h)
           else Going h
       end).

Definition event_error (h : Handshake) : event_result :=
  if bool_decide (m_state h = INACTIVE) then Escaped internal_error h
  else Failed handshake_failed e_handshake_network_socket_error h.

End steps.

(** ** The ends of a handshake *)

Definition empty_buffer : ProtocolBuffer := mkProtocolBuffer (replicate (Z.to_nat buffer_size) 0) 0 0.

Definition initialize_incoming (sa : sockaddr) (policy : EncryptionPolicy) (ds : list download)
    (i : list recv_answer) (o : list send_answer) : Handshake :=
  mkHandshake (if allow_encrypted_handshake policy then READ_ENC_KEY else READ_INFO) true sa (replicate 8 0) None None None
    Bitfield.empty_bitfield 0 0 false false (new_encryption policy) Extensions.make_default empty_buffer empty_buffer
    true false i o [] ds [].

Definition initialize_outgoing (sa : sockaddr) (policy : EncryptionPolicy) (proxy : option Proxy.Proxy) (dl : nat) (p : Z)
    (ds : list download) (i : list recv_answer) (o : list send_answer) : res Handshake :=
  d ← of_deref (ds !! dl);
  l ← update_peer p (fun i => set_flags i flag_handshake) (d_peers d);
  Ok (mkHandshake CONNECTING false sa (replicate 8 0) (Some p) (Some dl) proxy
        Bitfield.empty_bitfield 0 0 false false (new_encryption policy) Extensions.make_default empty_buffer empty_buffer
        false true i o [] (<[dl := with_d_peers d l]> ds) []).

(** [release_connection], once the connection is there, and
    [destroy_connection]; the socket itself is left out. *)
Definition release_connection (h : Handshake) : res Handshake :=
  i ← of_deref (m_download h);
  d ← of_deref (downloads h !! i);
  p ← of_deref (m_peerInfo h);
  l ← update_peer p (fun i => unset_flags i flag_handshake) (d_peers d);
  Ok (set_state INACTIVE (set_peer_info None (set_downloads (<[i := with_d_peers d l]> (downloads h)) h))).

Definition destroy_connection (now : Z) (h : Handshake) : res Handshake :=
  let h := set_state INACTIVE h in
  match m_peerInfo h with
  | None => Ok h
  | Some p =>
      i ← of_deref (m_download h);
      d ← of_deref (downloads h !! i);
      l ← disconnected now p 0 (d_peers d);
      l ← update_peer p (fun i => unset_flags i flag_handshake) l;
      let d := with_d_peers d l in
      let h := set_peer_info None h in
      if Extensions.is_default (m_extensions h) then Ok (set_downloads (<[i := d]> (downloads h)) h)
      else
        let '(e, x) := Extensions.cleanup (m_extensions h) (d_side d) in
        Ok (set_extensions e (set_downloads (<[i := with_side d x]> (downloads h)) h))
  end.

End Handshake.

#[global] Arguments Ret {_ _} _ _.
#[global] Arguments Exc {_ _} _ _.
#[global] Arguments Undefined {_ _}.

End Handshake.

(** ** Two sides of a connection *)

Module HandshakeRun.
Import Handshake ProtocolBuffer SocketAddress PeerInfo PeerList EncryptionPolicy HandshakeEncryption Toy.
#[local] Instance this_side : ByteOrder := true.

Definition data_bits (n : Z) (l : list Z) : Bitfield.Bitfield := Bitfield.mkBitfield n n (Some l).

Definition sample_download (id : Z) (pieces : Bitfield.Bitfield) (l : PeerList) : download :=
  mkDownload (replicate 20 7) (replicate 20 8) (replicate 20 id) true true pieces false true 8
    (Extensions.mkExtDownload false 3 0 0 (Object.TYPE_STRING 0 [97]) l).

Definition sample_env (key : Z) : Env :=
  mkEnv one_range true true 6881 (ENCRYPTION_MODE_PREFER, ENCRYPTION_MODE_PREFER) 6881
    (StaticMap.ascii_bytes "libTorrent 0.15") (Some key) 37 (fun i => Z.of_nat i) 1000 50 (fun _ => false).

Definition sample_policy (hs st : encryption_mode) : EncryptionPolicy := mkPolicy false hs st ENCRYPTION_MODE_ALLOW.

Definition incoming_side (p : EncryptionPolicy) (pieces : Bitfield.Bitfield) : Handshake :=
  initialize_incoming (peer_address 6882) p [sample_download 1 pieces no_peers] [] [].
Definition outgoing_side (p : EncryptionPolicy) (pieces : Bitfield.Bitfield) : option Handshake :=
  match initialize_outgoing (peer_address 6881) p None 0 7 [sample_download 2 pieces one_peer] [] [] with
  | Ok h => Some h
  | _ => None
  end.

(** The bytes one side sent since [k] arrive at the other. *)
Definition deliver (s : bytes) (h : Handshake) : Handshake :=
  match s with [] => h | _ => set_net (net_in h ++ [Received s]) (net_out h) (sent h) h end.

(** A side is going or has succeeded. *)
Inductive side := Open (h : Handshake) | Finished (h : Handshake) | Ended (r : event_result).
Definition side_of (r : event_result) : side :=
  match r with Going h => Open h | Succeeded h => Finished h | r => Ended r end.

(** One turn: read what has arrived if the poll says so, then write. *)
Definition turn (env : Env) (arrived : bytes) (s : side) : side * bytes :=
  match s with
  | Open h0 =>
      let h := deliver arrived h0 in
      let s1 := if in_read h then side_of (event_read env h) else Open h in
      let s2 := match s1 with Open h => if in_write h then side_of (event_write env 0 h) else s1 | s => s end in
      match s2 with
      | Open h | Finished h => (s2, drop (length (sent h0)) (sent h))
      | Ended r => (Ended r, [])
      end
  | s => (s, [])
  end.

Fixpoint run (n : nat) (a b : side) (to_a : bytes) : side * side :=
  match n with
  | O => (a, b)
  | S n => let '(a, to_b) := turn (sample_env 7) to_a a in
           let '(b, to_a) := turn (sample_env 9) to_b b in run n a b to_a
  end.

Definition meet (pa pb : EncryptionPolicy) (bits : Bitfield.Bitfield) : option (side * side) :=
  match outgoing_side pb bits with
  | Some h => Some (run 8 (Open (incoming_side pa bits)) (Open h) [])
  | None => None
  end.

(** How the two sides end: whether they succeeded, the stream they agreed on,
    whether it is encrypted, and the pieces they know of each other. *)
Definition summary (s : side) : option (Z * bool * option bytes) :=
  match s with
  | Finished h => Some (m_crypto (m_encryption h), EncryptionInfo.is_encrypted (m_info (m_encryption h)),
                        Bitfield.m_data (m_bitfield h))
  | _ => None
  end.
Definition both (pa pb : EncryptionPolicy) : option (option (Z * bool * option bytes) * option (Z * bool * option bytes)) :=
  (fun p => (summary (fst p), summary (snd p))) <$> meet pa pb (data_bits 10 [255; 192]).

(** Two sides that prefer encryption agree on it. *)
Example encrypted_sides_meet :
  both (sample_policy ENCRYPTION_MODE_PREFER ENCRYPTION_MODE_PREFER)
       (sample_policy ENCRYPTION_MODE_PREFER ENCRYPTION_MODE_PREFER) =
  Some (Some (crypto_encrypted, true, Some [255; 192]), Some (crypto_encrypted, true, Some [255; 192])).
Proof. vm_compute. reflexivity. Qed.

(** An encrypted handshake may end in a plain stream. *)
Example obfuscated_sides_meet :
  both (sample_policy ENCRYPTION_MODE_ALLOW ENCRYPTION_MODE_ALLOW)
       (sample_policy ENCRYPTION_MODE_PREFER ENCRYPTION_MODE_ALLOW) =
  Some (Some (crypto_plaintext, false, Some [255; 192]), Some (crypto_plaintext, false, Some [255; 192])).
Proof. vm_compute. reflexivity. Qed.

(** A side that allows a plain handshake accepts a plain stream with it, also
    when its policy is to have encrypted streams only. *)
Example required_stream_ignored :
  both (sample_policy ENCRYPTION_MODE_ALLOW ENCRYPTION_MODE_REQUIRE)
       (sample_policy ENCRYPTION_MODE_ALLOW ENCRYPTION_MODE_ALLOW) =
  Some (Some (0, false, Some [255; 192]), Some (0, false, Some [255; 192])).
Proof. vm_compute. reflexivity. Qed.

(** A side that requires encrypted handshakes refuses a plain one. *)
Example plain_handshake_refused :
  (match meet (sample_policy ENCRYPTION_MODE_REQUIRE ENCRYPTION_MODE_ALLOW)
              (sample_policy ENCRYPTION_MODE_ALLOW ENCRYPTION_MODE_ALLOW) (data_bits 10 [255; 192]) with
   | Some (Ended (Failed t e _), _) => t = handshake_dropped /\ e = e_handshake_unencrypted_rejected
   | _ => False
   end).
Proof. vm_compute. done. Qed.

(** ** What the handlers do with hostile timing *)

Definition plain_hello (id : Z) : bytes :=
  [19] ++ m_protocol ++ replicate 8 0 ++ replicate 20 7 ++ replicate 20 id.

Definition then_read (s : bytes) (r : event_result) : event_result :=
  match r with Going h => event_read (sample_env 7) (deliver s h) | r => r end.
Definition then_write (o : list send_answer) (r : event_result) : event_result :=
  match r with Going h => event_write (sample_env 7) 0 (set_net (net_in h) o (sent h) h) | r => r end.

(** A peer that takes a part of our bitfield, sends the start of a PORT message
    and then takes more: the handler that writes does not know that state,
    finds nothing in its buffer and raises an internal error. *)
Example port_message_escapes :
  (match then_write [] (then_read [0; 0; 0; 3; 9]
           (then_write [Accepted 1000; Accepted 4]
             (then_read (plain_hello 3)
               (Going (incoming_side (sample_policy ENCRYPTION_MODE_ALLOW ENCRYPTION_MODE_ALLOW)
                         (data_bits 80 (replicate 10 255))))))) with
   | Escaped e h => e = internal_error /\ m_state h = READ_PORT
   | _ => False
   end).
Proof. vm_compute. done. Qed.

(** The incoming side of an encrypted exchange, about to send its bitfield. *)
Definition encrypted_incoming : event_result :=
  let p := sample_policy ENCRYPTION_MODE_PREFER ENCRYPTION_MODE_PREFER in
  let bits := data_bits 80 (replicate 10 255) in
  match outgoing_side p bits with
  | Some b =>
      let '(b, to_a) := turn (sample_env 9) [] (Open b) in
      match then_read to_a (Going (incoming_side p bits)) with
      | Going a =>
          let '(b, to_a) := turn (sample_env 9) (sent a) b in
          then_read to_a (Going a)
      | r => r
      end
  | None => Broken
  end.

Definition after_two_writes : event_result :=
  then_write [Accepted 1000; Accepted 3] (then_write [Accepted 1000; Accepted 4] encrypted_incoming).

(** When the encrypted bitfield goes out in parts, its rest is sent twice and
    the buffer's position passes its end. *)
Example bitfield_sent_twice :
  (match encrypted_incoming, after_two_writes with
   | Going h, Going h' =>
       m_state h = READ_MESSAGE /\ m_end (m_writeBuffer h') < m_position (m_writeBuffer h') /\
       zlen (sent h') = zlen (sent h) + remaining (m_writeBuffer h) + 4 + 6 + 3
   | _, _ => False
   end).
Proof. vm_compute. done. Qed.

(** The next write then starts in the buffer and ends beyond it. *)
Example bitfield_write_past_end : then_write [] after_two_writes = Broken.
Proof. vm_compute. reflexivity. Qed.

(** A peer behind a proxy that does not wait: what it sent before the proxy
    was done is more than a connection can take over. *)
Definition through_proxy : event_result :=
  match initialize_outgoing (peer_address 6881) (sample_policy ENCRYPTION_MODE_DENY ENCRYPTION_MODE_DENY)
          (Some (Proxy.Http (Proxy.mkHttp [97] 80 Proxy.state_writing false))) 0 7
          [sample_download 2 (Bitfield.mkBitfield 10 0 (Some [0; 0])) one_peer] [] [] with
  | Ok h =>
      then_write [] (then_read []
        (then_read (StaticMap.ascii_bytes "HTTP/1.1 200" ++ [13; 10; 13; 10] ++ plain_hello 3 ++ [0; 0; 0; 0] ++ replicate 600 1)
          (then_write [] (Going h))))
  | _ => Broken
  end.

Example unread_after_proxy :
  (match through_proxy with
   | Succeeded h => remaining (m_readBuffer h) =? 600
   | _ => false
   end) = true.
Proof. vm_compute. reflexivity. Qed.

End HandshakeRun.
