(* ===== verification/HandshakeProgress.v ===== *)
(** * Reading a handshake ends (src/protocol/handshake.cc)

    The loop of [event_read] ends whatever arrives: every round either leaves
    for a later state or takes a message out of the buffer.  [wlp m Q h] says
    that [m], from [h], ends in [Q] if it returns; exceptions leave the loop. *)

From S2P Require Import Prelude Object StaticMap ProtocolBase Bitfield SocketAddress Utils Encryption Proxy PeerList Extensions Handshake.

Module HandshakeProgress.
Import Handshake ProtocolBuffer EncryptionInfo HandshakeEncryption.

Section Triples.
Context `{Crypto} `{ByteOrder}.

Definition wlp {A} (m : M A) (Q : A -> Handshake -> Prop) (h : Handshake) : Prop :=
  match m h with Ret a h' => Q a h' | _ => True end.

Lemma wlp_bind {A B} (m : M A) (f : A -> M B) Q h : wlp m (fun a => wlp (f a) Q) h -> wlp (m ≫= f) Q h.
Proof. unfold wlp, mbind, M_bind. by destruct (m h). Qed.
Lemma wlp_mono {A} (m : M A) (Q Q' : A -> Handshake -> Prop) h : (forall a h', Q a h' -> Q' a h') -> wlp m Q h -> wlp m Q' h.
Proof. unfold wlp. intros Hq. destruct (m h); auto. Qed.
Lemma wlp_last {A} (m : M A) Q h : wlp (m ≫= mret) Q h -> wlp m Q h.
Proof. unfold wlp, mbind, M_bind. by destruct (m h). Qed.
Lemma wlp_ret {A} (a : A) (Q : A -> Handshake -> Prop) h : Q a h -> wlp (mret a) Q h.
Proof. done. Qed.
Lemma wlp_modify f (Q : unit -> Handshake -> Prop) h : Q tt (f h) -> wlp (modify f) Q h.
Proof. done. Qed.
Lemma wlp_lift {A} (r : res A) (Q : A -> Handshake -> Prop) h : (forall a, r = Ok a -> Q a h) -> wlp (lift r) Q h.
Proof. unfold wlp, lift. intros Hr. destruct r as [a|[]|]; auto. Qed.
Lemma wlp_throw_if b e (Q : unit -> Handshake -> Prop) h : (b = false -> Q tt h) -> wlp (throw_if b e) Q h.
Proof. unfold wlp, throw_if. intros Hb. destruct b; [done|]. by apply Hb. Qed.

(** ** Steps that read nothing *)

(** The reading side of a handshake. *)
Definition view (h : Handshake) : ProtocolBuffer * list recv_answer * State * bool * Z :=
  (m_readBuffer h, net_in h, m_state h, m_incoming h, m_readPos h).

Definition still {A} (m : M A) : Prop := forall h, wlp m (fun _ h' => view h' = view h) h.

Lemma still_bind {A B} (m : M A) (f : A -> M B) : still m -> (forall a, still (f a)) -> still (m ≫= f).
Proof.
  intros Hm Hf h. apply wlp_bind. eapply wlp_mono; [|apply Hm]. cbv beta. intros a h' Hh. rewrite <- Hh. apply Hf.
Qed.
Lemma still_ret {A} (a : A) : still (mret a).
Proof. by intros h. Qed.
Lemma still_gets {A} (f : Handshake -> A) : still (gets f).
Proof. by intros h. Qed.
Lemma still_throw {A} e : still (throw (A := A) e).
Proof. by intros h. Qed.
Lemma still_throw_if b e : still (throw_if b e).
Proof. by destruct b. Qed.
Lemma still_lift {A} (r : res A) : still (lift r).
Proof. intros h. by apply wlp_lift. Qed.
Lemma still_modify f : (forall h, view (f h) = view h) -> still (modify f).
Proof. intros Hf h. apply Hf. Qed.
Lemma still_if {A} (b : bool) (m n : M A) : still m -> still n -> still (if b then m else n).
Proof. by destruct b. Qed.

Lemma wlp_still {A} (m : M A) (Q : A -> Handshake -> Prop) h : still m -> (forall a h', view h' = view h -> Q a h') -> wlp m Q h.
Proof. intros Hm Hq. eapply wlp_mono; [|apply Hm]. auto. Qed.

End Triples.

Create HintDb still discriminated.
#[export] Hint Resolve still_ret still_gets still_throw still_throw_if still_lift : still.

(** Goes through the binds of a step. *)
Ltac still_step :=
  match goal with
  | |- still (mbind _ _) => apply still_bind; [|intros ?]
  | |- still (let '(_, _) := ?p in _) => destruct p
  | |- still (if ?b then _ else _) => apply still_if
  | |- still (match ?x with _ => _ end) => destruct x
  | |- still (modify _) => apply still_modify; by intros []
  | |- still _ => solve [eauto with still]
  end.
Ltac still_auto := repeat still_step.

Section Still.
Context `{Crypto} `{ByteOrder}.

Lemma still_wb_write s : still (wb_write s).
Proof. unfold wb_write. still_auto. Qed.
Lemma still_the_download : still the_download.
Proof. unfold the_download. still_auto. Qed.
Lemma still_update_download d : still (update_download d).
Proof. unfold update_download. still_auto. Qed.
#[local] Hint Resolve still_wb_write still_the_download still_update_download : still.
Lemma still_the_peer : still the_peer.
Proof. unfold the_peer. still_auto. Qed.
Lemma still_update_the_peer f : still (update_the_peer f).
Proof. unfold update_the_peer. still_auto. Qed.
Lemma still_encrypt_bytes s : still (encrypt_bytes s).
Proof. unfold encrypt_bytes. still_auto. Qed.
#[local] Hint Resolve still_the_peer still_update_the_peer still_encrypt_bytes : still.
Lemma still_wb_write_enc s : still (wb_write_enc s).
Proof. unfold wb_write_enc. still_auto. Qed.
Lemma still_peek_bytes n : still (peek_bytes n).
Proof. unfold peek_bytes. still_auto. Qed.
Lemma still_remaining : still read_remaining.
Proof. unfold read_remaining. still_auto. Qed.
Lemma still_update_policy f : still (update_policy f).
Proof. unfold update_policy. still_auto. Qed.
Lemma still_get_policy : still get_policy.
Proof. unfold get_policy. still_auto. Qed.
#[local] Hint Resolve still_wb_write_enc still_peek_bytes still_remaining still_update_policy still_get_policy : still.

Lemma still_validate_download : still validate_download.
Proof. unfold validate_download, fail_with. still_auto. Qed.
Lemma still_prepare_key env : still (prepare_key_plus_pad env).
Proof. unfold prepare_key_plus_pad. still_auto. Qed.
Lemma still_prepare_handshake env : still (prepare_handshake env).
Proof. unfold prepare_handshake. still_auto. Qed.
Lemma still_crypto_provide p : still (crypto_provide p).
Proof. unfold crypto_provide. still_auto. Qed.
#[local] Hint Resolve still_validate_download still_prepare_key still_prepare_handshake still_crypto_provide : still.
Lemma still_prepare_negotiation env : still (prepare_enc_negotiation env).
Proof. unfold prepare_enc_negotiation. still_auto. Qed.
Lemma still_prepare_bitfield : still prepare_bitfield.
Proof. unfold prepare_bitfield. still_auto. Qed.
Lemma still_write_extension env : still (write_extension_handshake env).
Proof. unfold write_extension_handshake. still_auto. Qed.
Lemma still_selected_mode e : still (selected_mode e).
Proof. unfold selected_mode, fail_with. still_auto. Qed.
Lemma still_obfuscate : still obfuscate_if_plaintext.
Proof. unfold obfuscate_if_plaintext. still_auto. Qed.

End Still.

#[export] Hint Resolve still_wb_write still_the_download still_update_download still_the_peer still_update_the_peer
  still_encrypt_bytes still_wb_write_enc still_peek_bytes still_remaining still_update_policy still_get_policy
  still_validate_download still_prepare_key still_prepare_handshake still_prepare_negotiation still_prepare_bitfield
  still_write_extension still_selected_mode still_obfuscate : still.

Section Reading.
Context `{HC : Crypto} `{HB : ByteOrder} `{HL : !CryptoLaws}.

(** ** What is left to read *)

(** What arrives is bytes. *)
Definition script_ok (l : list recv_answer) : Prop :=
  Forall (fun a => match a with Received s => bytes_ok s | _ => True end) l.

(** The bytes that may still come and those in the buffer. *)
Definition bytes_left (h : Handshake) : nat :=
  (script_bytes (net_in h) + Z.to_nat (remaining (m_readBuffer h)))%nat.

(** The read buffer is within its bounds and holds [c], at most [k] bytes are
    left; the state, the direction and [m_readPos]. *)
Record reading (k : nat) (st : State) (inc : bool) (pos : Z) (c : list Z) (h : Handshake) : Prop := {
  rd_buffer : wf buffer_size (m_readBuffer h);
  rd_memory : bytes_ok (m_buffer (m_readBuffer h));
  rd_script : script_ok (net_in h);
  rd_bytes : (bytes_left h <= k)%nat;
  rd_state : m_state h = st;
  rd_incoming : m_incoming h = inc;
  rd_pos : m_readPos h = pos;
  rd_content : content (m_readBuffer h) = c
}.

Lemma reading_view k st inc pos c h h' : view h' = view h -> reading k st inc pos c h -> reading k st inc pos c h'.
Proof.
  unfold view. intros [= E1 E2 E3 E4 E5] [G1 G2 G3 G4 G5 G6 G7 G8]. unfold bytes_left in *. rewrite <- E1, <- E2 in *.
  split; try done; congruence.
Qed.

Lemma reading_remaining k st inc pos c h : reading k st inc pos c h -> remaining (m_readBuffer h) = zlen c.
Proof. intros Hh. destruct (remaining_wf _ _ (rd_buffer _ _ _ _ _ _ Hh)) as [_ <-]. by rewrite (rd_content _ _ _ _ _ _ Hh). Qed.

Lemma reading_bound k st inc pos c h : reading k st inc pos c h -> (length c <= k)%nat.
Proof.
  intros Hh. pose proof (reading_remaining _ _ _ _ _ _ Hh) as Hr. pose proof (rd_bytes _ _ _ _ _ _ Hh) as Hk.
  unfold bytes_left in Hk. rewrite Hr in Hk. unfold zlen in Hk. lia.
Qed.

Lemma reading_bytes k st inc pos c h : reading k st inc pos c h -> bytes_ok c.
Proof. intros [G1 G2 G3 G4 G5 G6 G7 <-]. unfold content. by apply Forall_drop, Forall_take. Qed.

Lemma read_unthrottled_spec n h : 0 < n ->
  match read_unthrottled n h with
  | Ret s h' => exists l, h' = set_net l (net_out h) (sent h) h /\ zlen s <= n /\
      (script_bytes l + length s)%nat = script_bytes (net_in h) /\
      (script_ok (net_in h) -> bytes_ok s /\ script_ok l)
  | _ => True
  end.
Proof.
  intros Hn. unfold read_unthrottled. rewrite (proj2 (Z.eqb_neq n 0)) by lia.
  destruct (net_in h) as [|[s| |] l] eqn:E; cbn [script_bytes sum_list_with]; [| | |done].
  - exists []. split; [destruct h; cbn in *; by subst|]. split; [unfold zlen; simpl; lia|]. split; [done|].
    intros _. split; constructor.
  - set (l' := match drop (Z.to_nat n) s with [] => l | _ => _ end).
    assert (Hl : script_bytes l' = (script_bytes l + length (drop (Z.to_nat n) s))%nat).
    { unfold l'. destruct (drop (Z.to_nat n) s); cbn [script_bytes sum_list_with length]; unfold script_bytes; simpl; lia. }
    exists l'. split; [done|]. split; [unfold zlen; rewrite length_take; lia|]. split.
    { rewrite Hl, length_take, length_drop. unfold script_bytes in *. simpl. lia. }
    intros [Hs Hl']%Forall_cons. split; [by apply Forall_take|]. unfold l'.
    pose proof (Forall_drop _ (Z.to_nat n) s Hs) as Hd. destruct (drop (Z.to_nat n) s); [done|by constructor].
  - exists l. split; [done|]. split; [unfold zlen; simpl; lia|]. split; [unfold script_bytes; simpl; lia|].
    intros [_ Hl]%Forall_cons. split; [constructor|done].
Qed.

(** A write within the buffer. *)
Lemma mem_write_spec b pos s b' : wf buffer_size b -> mem_write b pos s = Ok b' ->
  wf buffer_size b' /\ m_position b' = m_position b /\ m_end b' = m_end b /\ 0 <= pos <= buffer_size /\
  take (Z.to_nat pos) (m_buffer b') = take (Z.to_nat pos) (m_buffer b) /\
  (bytes_ok (m_buffer b) -> bytes_ok s -> bytes_ok (m_buffer b')).
Proof.
  intros [G1 G2 G3 G4] E. unfold mem_write in E. res_inv. bool_prop. cbn [m_buffer m_position m_end].
  pose proof (zlen_nonneg s). split_and!; try done; [|lia| |].
  - split; cbn [m_buffer m_position m_end]; [|done|done|done]. unfold zlen in *. rewrite !length_app, length_take, length_drop. lia.
  - rewrite take_app_le by (unfold zlen in *; rewrite length_take; lia). rewrite take_take. f_equal. lia.
  - intros Hb Hs. unfold bytes_ok in *. by rewrite !Forall_app; split_and!; [apply Forall_take| |apply Forall_drop].
Qed.

(** The unread bytes before a place of the buffer do not depend on what follows it. *)
Lemma content_before b pos : wf buffer_size b -> m_position b <= pos <= m_end b ->
  content b = drop (Z.to_nat (m_position b)) (take (Z.to_nat pos) (m_buffer b)) ++ drop (Z.to_nat pos) (take (Z.to_nat (m_end b)) (m_buffer b)).
Proof.
  intros [G1 G2 G3 G4] Hp. unfold content.
  rewrite <- (take_drop (Z.to_nat pos) (take (Z.to_nat (m_end b)) (m_buffer b))) at 1.
  rewrite take_take, Nat.min_l by lia. rewrite drop_app_le; [done|]. rewrite length_take. unfold zlen in *. lia.
Qed.

Lemma content_kept b b' pos : wf buffer_size b -> wf buffer_size b' -> m_position b' = m_position b -> m_end b' = m_end b ->
  m_position b <= pos <= m_end b -> take (Z.to_nat pos) (m_buffer b') = take (Z.to_nat pos) (m_buffer b) ->
  take (Z.to_nat (pos - m_position b)) (content b') = take (Z.to_nat (pos - m_position b)) (content b).
Proof.
  intros Hb Hb' Ep Ee Hp Et. rewrite (content_before b pos), (content_before b' pos) by (done || lia). rewrite Ep, Et.
  destruct Hb as [G1 G2 G3 G4]. rewrite !take_app_le; [done|..]; rewrite length_drop, length_take; unfold zlen in *; lia.
Qed.

(** ** Steps *)

Lemma step_still {A B} (m : M A) (f : A -> M B) Q k st inc pos c h : reading k st inc pos c h -> still m ->
  (forall a h', reading k st inc pos c h' -> wlp (f a) Q h') -> wlp (m ≫= f) Q h.
Proof.
  intros Hh Hm Hf. apply wlp_bind, wlp_still; [done|]. intros a h' E. apply Hf. by eapply reading_view.
Qed.
Lemma step_gets {A B} (g : Handshake -> A) (f : A -> M B) Q h : wlp (f (g h)) Q h -> wlp (gets g ≫= f) Q h.
Proof. done. Qed.
Lemma step_remaining {B} (f : Z -> M B) Q k st inc pos c h : reading k st inc pos c h ->
  wlp (f (zlen c)) Q h -> wlp (read_remaining ≫= f) Q h.
Proof. intros Hh. unfold read_remaining. intros Hf. apply step_gets. by rewrite (reading_remaining _ _ _ _ _ _ Hh). Qed.
Lemma step_throw {B} b e (f : unit -> M B) Q h : (b = false -> wlp (f tt) Q h) -> wlp (throw_if b e ≫= f) Q h.
Proof. intros Hf. by apply wlp_bind, wlp_throw_if. Qed.
Lemma step_lift {A B} (r : res A) (f : A -> M B) Q h : (forall a, r = Ok a -> wlp (f a) Q h) -> wlp (lift r ≫= f) Q h.
Proof. intros Hf. by apply wlp_bind, wlp_lift. Qed.
Lemma step_state {B} s (f : unit -> M B) Q k st inc pos c h : reading k st inc pos c h ->
  (forall h', reading k s inc pos c h' -> m_encryption h' = m_encryption h -> m_readBuffer h' = m_readBuffer h -> wlp (f tt) Q h') ->
  wlp (to_state s ≫= f) Q h.
Proof. intros [] Hf. by apply wlp_bind, Hf. Qed.
Lemma step_read_pos {B} p (f : unit -> M B) Q k st inc pos c h : reading k st inc pos c h ->
  (forall h', reading k st inc p c h' -> wlp (f tt) Q h') -> wlp (modify (set_read_pos p) ≫= f) Q h.
Proof. intros [] Hf. by apply wlp_bind, Hf. Qed.

(** Replacing the read buffer by one that holds as much or less. *)
Lemma reading_buffer k k' st inc pos c b h : reading k st inc pos c h -> wf buffer_size b -> bytes_ok (m_buffer b) ->
  (k + Z.to_nat (remaining b) <= k' + Z.to_nat (zlen c))%nat ->
  reading k' st inc pos (content b) (set_read_buffer b h).
Proof.
  intros Hh Hb Hm Hk. pose proof (reading_remaining _ _ _ _ _ _ Hh) as Hr. destruct Hh as [G1 G2 G3 G4 G5 G6 G7 G8].
  split; try done. unfold bytes_left in *. cbn [m_readBuffer net_in set_read_buffer]. lia.
Qed.

Lemma step_read {B} n (f : bytes -> M B) Q k st inc pos c h : reading k st inc pos c h -> 0 < n ->
  (forall s h', reading k st inc pos (c ++ s) h' -> m_position (m_readBuffer h') = m_position (m_readBuffer h) ->
     m_end (m_readBuffer h') = m_end (m_readBuffer h) + zlen s -> m_encryption h' = m_encryption h -> bytes_ok s -> wlp (f s) Q h') ->
  wlp (read_to_end n ≫= f) Q h.
Proof.
  intros Hh Hn Hf. apply wlp_bind. unfold read_to_end. apply wlp_bind. pose proof (read_unthrottled_spec n h Hn) as Hr. unfold wlp at 1.
  destruct (read_unthrottled n h) as [s h1|e h1|]; [|done..]. destruct Hr as (l & -> & Hz & Hb & Hs). apply step_gets, step_lift.
  destruct (Hs (rd_script _ _ _ _ _ _ Hh)) as [Hs1 Hs2]. pose proof (reading_remaining _ _ _ _ _ _ Hh) as Hr.
  destruct Hh as [G1 G2 G3 G4 G5 G6 G7 G8]. intros b1 E1. cbn [m_readBuffer set_net] in E1.
  assert (Hle : zlen s <= reserved_left (m_readBuffer h)).
  { rewrite (reserved_left_wf _ _ G1). destruct G1 as [W1 W2 W3 W4]. unfold mem_write in E1. res_inv. bool_prop. lia. }
  destruct (write_range_spec buffer_size _ s G1 Hle) as (b' & E & W1 & W2 & W3 & W4). unfold write_range in E.
  rewrite E1 in E. cbn [mbind res_bind] in E. injection E as E. pose proof (mem_write_spec _ _ _ _ G1 E1) as (_ & _ & _ & _ & _ & Hm).
  apply Hf; cbn [m_readBuffer set_read_buffer set_net m_encryption]; rewrite ?E; try done.
  split; try done; cbn [m_readBuffer set_read_buffer set_net]; rewrite ?E; try done.
  - subst b'. cbn. by apply Hm.
  - unfold bytes_left in *. cbn [m_readBuffer net_in set_read_buffer set_net].
    destruct (remaining_wf _ _ W1) as [_ <-]. rewrite W2, G8. unfold zlen in *. rewrite length_app. lia.
  - by rewrite W2, G8.
Qed.

Lemma decrypt_bytes i s i' s' : decrypt i s = Ok (i', s') -> bytes_ok s -> bytes_ok s' /\ length s' = length s.
Proof.
  unfold decrypt. destruct (m_decrypt i) as [r|]; [|done]. cbn [of_deref mbind res_bind]. intros E Hs.
  pose proof (RC4_bytes r s Hs). pose proof (RC4_length r s). destruct (RC4_crypt r s) as [k o]. by simplify_eq.
Qed.

(** Decrypting in place keeps what is before. *)
Lemma step_decrypt {B} p n (f : unit -> M B) Q k st inc pos c h : reading k st inc pos c h ->
  m_position (m_readBuffer h) <= p <= m_end (m_readBuffer h) ->
  (forall c' h', reading k st inc pos c' h' -> zlen c' = zlen c -> m_position (m_readBuffer h') = m_position (m_readBuffer h) ->
     take (Z.to_nat (p - m_position (m_readBuffer h))) c' = take (Z.to_nat (p - m_position (m_readBuffer h))) c ->
     m_sync (m_encryption h') = m_sync (m_encryption h) -> wlp (f tt) Q h') ->
  wlp (decrypt_at p n ≫= f) Q h.
Proof.
  intros Hh Hp Hf. apply wlp_bind. unfold decrypt_at. apply step_gets, step_lift. intros s Es. apply step_gets, step_lift.
  intros [i s'] Ed. cbv beta iota. apply step_lift. intros b' Eb. apply wlp_bind.
  pose proof (reading_remaining _ _ _ _ _ _ Hh) as Hr. pose proof Hh as [G1 G2 G3 G4 G5 G6 G7 G8].
  assert (Hs : bytes_ok s') by (unfold mem_read in Es; res_inv; eapply decrypt_bytes; [done|by apply Forall_take, Forall_drop]).
  destruct (mem_write_spec _ _ _ _ G1 Eb) as (W1 & W2 & W3 & W4 & W5 & W6).
  assert (Hrem : zlen (content b') = zlen c).
  { destruct (remaining_wf _ _ W1) as [Hr1 ->]. rewrite Hr1, <- Hr. destruct (remaining_wf _ _ G1) as [-> _]. lia. }
  unfold wlp, modify. apply (Hf (content b')); cbn [m_readBuffer m_encryption set_read_buffer set_encryption]; try done.
  - apply (reading_buffer k k st inc pos c); [|done|by apply W6|]; [split; done|]. destruct (remaining_wf _ _ W1) as [_ <-]. lia.
  - rewrite <- G8. by apply content_kept.
Qed.

(** Filling the buffer appends to it. *)
Lemma step_fill {B} n (f : bool -> M B) Q k st inc pos c h : reading k st inc pos c h ->
  (forall s h', reading k st inc pos (c ++ s) h' -> m_position (m_readBuffer h') = m_position (m_readBuffer h) ->
     m_sync (m_encryption h') = m_sync (m_encryption h) -> wlp (f (n <=? zlen (c ++ s))) Q h') ->
  wlp (fill_read_buffer n ≫= f) Q h.
Proof.
  intros Hh Hf. apply wlp_bind. unfold fill_read_buffer. apply (step_remaining _ _ _ _ _ _ _ _ Hh).
  assert (Hend : forall s h', reading k st inc pos (c ++ s) h' -> m_position (m_readBuffer h') = m_position (m_readBuffer h) ->
     m_sync (m_encryption h') = m_sync (m_encryption h) ->
     wlp (r ← read_remaining; mret (n <=? r)) (fun a => wlp (f a) Q) h').
  { intros s h' Hh' Hp He. apply (step_remaining _ _ _ _ _ _ _ _ Hh'). by apply (Hf s). }
  destruct (Z.ltb_spec (zlen c) n) as [Hlt|Hge].
  - apply wlp_bind, step_gets, step_throw. intros _. apply (step_read _ _ _ _ _ _ _ _ _ Hh); [lia|].
    intros s h1 H1 Hp Hm He Hs. apply step_gets. pose proof (remaining_wf _ _ (rd_buffer _ _ _ _ _ _ H1)) as [Hr _].
    rewrite (reading_remaining _ _ _ _ _ _ H1) in Hr. pose proof (reading_remaining _ _ _ _ _ _ Hh) as Hr0.
    destruct (remaining_wf _ _ (rd_buffer _ _ _ _ _ _ Hh)) as [Hr1 _]. pose proof (zlen_nonneg c). pose proof (zlen_nonneg s).
    destruct (decrypt_valid _); [|by apply (Hend s); rewrite ?He].
    apply step_gets, wlp_last.
    apply (step_decrypt _ _ _ _ _ _ _ _ _ _ H1); [lia|]. intros c' h2 H2 Hz Hp2 Ht Hy.
    replace (m_end (m_readBuffer h1) - zlen s - m_position (m_readBuffer h1)) with (zlen c) in Ht by lia.
    apply (Hend (drop (length c) c')); [|congruence..].
    replace (c ++ drop (length c) c') with c'; [done|].
    unfold zlen in Ht. rewrite Nat2Z.id, take_app_length in Ht. by rewrite <- Ht at 1; rewrite take_drop.
  - apply (Hend []); [|done..]. by rewrite app_nil_r.
Qed.

(** Consuming what is there. *)
Lemma reading_consume n k st inc pos c h : reading k st inc pos c h -> (n <= length c)%nat ->
  let b := m_readBuffer h in
  reading (k - n) st inc pos (drop n c) (set_read_buffer (set_position_itr b (m_position b + Z.of_nat n)) h).
Proof.
  intros Hh Hn b. pose proof (reading_remaining _ _ _ _ _ _ Hh) as Hr. pose proof Hh as [G1 G2 G3 G4 G5 G6 G7 G8].
  fold b in G1, G2, G8, Hr. destruct (remaining_wf _ _ G1) as [Hr1 _]. set (b' := set_position_itr b _).
  assert (W : wf buffer_size b').
  { destruct G1 as [W1 W2 W3 W4]. split; unfold b'; cbn; try done. unfold zlen in *. lia. }
  assert (Hc : content b' = drop n c).
  { rewrite <- G8. unfold content, b', set_position_itr. cbn [m_position m_end m_buffer]. rewrite drop_drop. f_equal.
    destruct G1 as [W1 W2 W3 W4]. lia. }
  rewrite <- Hc. apply (reading_buffer k _ _ _ _ c); [done|done|by apply G2|]. destruct (remaining_wf _ _ W) as [_ <-].
  rewrite Hc. unfold bytes_left in G4. fold b in G4. rewrite Hr in G4. unfold zlen in *. rewrite length_drop. lia.
Qed.

Lemma step_consume {B} n (f : unit -> M B) Q k st inc pos c h : reading k st inc pos c h -> 0 <= n <= zlen c ->
  (forall h', reading (k - Z.to_nat n) st inc pos (drop (Z.to_nat n) c) h' -> m_encryption h' = m_encryption h -> wlp (f tt) Q h') ->
  wlp (rb_consume n ≫= f) Q h.
Proof.
  intros Hh Hn Hf. apply wlp_bind. unfold rb_consume, rb_upd, modify, wlp.
  pose proof (reading_consume (Z.to_nat n) _ _ _ _ _ _ Hh) as Hc. unfold set_position_itr in Hc. rewrite Z2Nat.id in Hc by lia.
  apply Hf; [|done]. apply Hc. unfold zlen in *. lia.
Qed.

Lemma mem_read_content k st inc pos c h n : reading k st inc pos c h -> (n <= length c)%nat ->
  mem_read (m_readBuffer h) (m_position (m_readBuffer h)) n = Ok (take n c).
Proof.
  intros Hh Hn. destruct (read_len_spec buffer_size (m_readBuffer h) (take n c) (drop n c)) as (b' & E & _).
  { by eapply rd_buffer. } { rewrite take_drop. by eapply rd_content. }
  rewrite length_take_le in E by done. unfold read_len in E. by destruct (mem_read _ _ _); simplify_eq/=.
Qed.

Lemma peek_int_content k st inc pos c h n : reading k st inc pos c h -> (n <= length c)%nat ->
  peek_int n (m_readBuffer h) = Ok (be_combine (take n c)).
Proof. intros Hh Hn. unfold peek_int. by rewrite (mem_read_content _ _ _ _ _ _ _ Hh Hn). Qed.

Lemma step_read_int {B} n (f : Z -> M B) Q k st inc pos c h : reading k st inc pos c h -> Z.of_nat n <= zlen c ->
  (forall h', reading (k - n) st inc pos (drop n c) h' -> m_encryption h' = m_encryption h -> wlp (f (be_combine (take n c))) Q h') ->
  wlp (rb (read_int n) ≫= f) Q h.
Proof.
  intros Hh Hn Hf. assert (Hl : (n <= length c)%nat) by (unfold zlen in *; lia). apply wlp_bind. unfold rb. apply step_gets, step_lift.
  intros [v b] E. unfold read_int in E. rewrite (peek_int_content _ _ _ _ _ _ _ Hh Hl) in E. cbn in E. simplify_eq.
  apply Hf; [|done]. by apply reading_consume.
Qed.

Lemma step_read_len {B} n (f : list Z -> M B) Q k st inc pos c h : reading k st inc pos c h -> Z.of_nat n <= zlen c ->
  (forall h', reading (k - n) st inc pos (drop n c) h' -> wlp (f (take n c)) Q h') ->
  wlp (rb (fun b => read_len b n) ≫= f) Q h.
Proof.
  intros Hh Hn Hf. assert (Hl : (n <= length c)%nat) by (unfold zlen in *; lia). apply wlp_bind. unfold rb. apply step_gets, step_lift.
  intros [v b] E. unfold read_len in E. rewrite (mem_read_content _ _ _ _ _ _ _ Hh Hl) in E. cbn in E. simplify_eq.
  apply Hf. by apply reading_consume.
Qed.

Lemma step_peek {B} n (f : list Z -> M B) Q k st inc pos c h : reading k st inc pos c h -> 0 <= n <= zlen c ->
  wlp (f (take (Z.to_nat n) c)) Q h -> wlp (peek_bytes n ≫= f) Q h.
Proof.
  intros Hh Hn Hf. apply wlp_bind. unfold peek_bytes. apply step_gets, wlp_lift. intros s E.
  rewrite (mem_read_content _ _ _ _ _ _ _ Hh) in E by (unfold zlen in *; lia). by simplify_eq.
Qed.

Lemma step_move_unused {B} (f : unit -> M B) Q k st inc pos c h : reading k st inc pos c h ->
  (forall h', reading k st inc pos c h' -> m_position (m_readBuffer h') = 0 -> wlp (f tt) Q h') ->
  forall b, move_unused (m_readBuffer h) = Ok b -> wlp (modify (set_read_buffer b) ≫= f) Q h.
Proof.
  intros Hh Hf b E. apply wlp_bind. unfold modify, wlp.
  pose proof (reading_remaining _ _ _ _ _ _ Hh) as Hr. pose proof Hh as [G1 G2 G3 G4 G5 G6 G7 G8].
  destruct (move_unused_spec _ _ G1) as (b' & E' & W1 & W2 & W3 & W4). rewrite E in E'. injection E' as <-. apply Hf; [|done].
  rewrite <- G8, <- W2. apply (reading_buffer k _ _ _ _ c); [done|done| |].
  - unfold move_unused in E. res_inv. cbn [m_buffer reset_position set_end]. eapply mem_write_spec; [exact G1|done|done|].
    unfold mem_read in *. res_inv. by apply Forall_take, Forall_drop.
  - destruct (remaining_wf _ _ W1) as [_ <-]. rewrite W2, G8. lia.
Qed.

(** ** Rounds *)

(** What a state needs when its round starts. *)
Definition side (h : Handshake) : Prop :=
  match m_state h with
  | CONNECTING | PROXY_DONE | READ_ENC_KEY => m_position (m_readBuffer h) = 0
  | PROXY_WRITE => m_proxy h <> None
  | READ_ENC_SYNC => m_incoming h = true -> zlen (m_sync (m_encryption h)) = 20
  | READ_ENC_PAD => 0 <= m_readPos h
  | READ_EXT => 5 <= zlen (content (m_readBuffer h))
  | READ_PORT => 5 <= zlen (content (m_readBuffer h)) /\ be_combine (take 4 (content (m_readBuffer h))) <> 0
  | _ => True
  end.

Record ready (h : Handshake) : Prop := {
  ready_reading : reading (bytes_left h) (m_state h) (m_incoming h) (m_readPos h) (content (m_readBuffer h)) h;
  ready_side : side h
}.

(** The states in the order they come; a message takes more than one byte. *)
Definition rank (st : State) : nat :=
  match st with
  | READ_ENC_KEY => 10 | READ_ENC_SYNC => 9 | READ_ENC_SKEY => 8 | READ_ENC_NEGOT => 7 | READ_ENC_PAD => 6
  | READ_ENC_IA => 5 | READ_INFO => 4 | READ_PEER => 3 | READ_BITFIELD => 2 | READ_MESSAGE | POST_HANDSHAKE => 1 | _ => 0
  end.
Definition measure (h : Handshake) : nat := 2 * bytes_left h + rank (m_state h).

(** After a round: another one starts with less to do. *)
Definition progress (n : nat) (f : flow) (h : Handshake) : Prop := ready h /\ (f = Again -> (measure h < n)%nat).

Lemma progress_made k st inc pos c h f n : reading k st inc pos c h -> side h ->
  (f = Again -> (2 * k + rank st < n)%nat) -> progress n f h.
Proof.
  intros Hh Hs Hf. pose proof Hh as [G1 G2 G3 G4 G5 G6 G7 G8]. split; [split; [by split|done]|].
  intros E. specialize (Hf E). unfold measure. rewrite G5. lia.
Qed.

Lemma wlp_again m n h : wlp m (fun ok => progress n (again ok)) h -> wlp (ok ← m; mret (again ok)) (progress n) h.
Proof. intros Hm. by apply wlp_bind. Qed.

(** The states that need nothing. *)
Definition free_state (st : State) : Prop :=
  match st with
  | CONNECTING | PROXY_DONE | PROXY_WRITE | READ_ENC_KEY | READ_ENC_SYNC | READ_ENC_PAD | READ_EXT | READ_PORT => False
  | _ => True
  end.
Lemma side_free st k inc pos c h : reading k st inc pos c h -> free_state st -> side h.
Proof. intros Hh Hs. unfold side. rewrite (rd_state _ _ _ _ _ _ Hh). by destruct st. Qed.

Ltac quiet :=
  match goal with
  | Hh : reading _ _ _ _ _ ?h |- wlp _ _ ?h =>
      eapply (step_still _ _ _ _ _ _ _ _ _ Hh); [solve [still_auto]|]; clear dependent h; intros ? h Hh
  end.

(** The last step of a round. *)
Ltac finish :=
  match goal with
  | Hh : reading _ _ _ _ _ ?h |- wlp (mret _) _ ?h =>
      eapply (progress_made _ _ _ _ _ _ _ _ Hh); [try by eapply side_free|]
  end.


Context (env : Env).

Lemma round_take_key k inc pos c h : reading k READ_ENC_KEY inc pos c h -> 96 <= zlen c ->
  wlp (take_key env) (fun _ => progress (2 * k + 10) Again) h.
Proof.
  intros Hh Hc. unfold take_key. quiet. apply step_gets. rewrite (rd_incoming _ _ _ _ _ _ Hh).
  quiet. apply (step_peek _ _ _ _ _ _ _ _ _ Hh); [lia|]. quiet. quiet.
  destruct (DiffieHellman.compute_secret _ _) as [ok d]. quiet. quiet.
  apply (step_consume _ _ _ _ _ _ _ _ _ Hh); [lia|]. intros h1 H1 _. clear dependent h. apply step_gets. destruct inc.
  - apply wlp_bind, step_lift. intros e Ee. apply wlp_modify, wlp_last.
    assert (He : zlen (m_sync e) = 20).
    { unfold hash_req1_to_sync, salted_secret in Ee. res_inv. cbn [m_sync set_sync]. unfold zlen, sha1_salt. by rewrite SHA1_length. }
    assert (H2 : reading (k - Z.to_nat 96) READ_ENC_KEY true pos (drop (Z.to_nat 96) c) (set_encryption e h1)) by (by apply (reading_view _ _ _ _ _ h1)).
    apply (step_state _ _ _ _ _ _ _ _ _ H2). intros h2 H3 E _. finish; [|cbn; lia].
    unfold side. rewrite (rd_state _ _ _ _ _ _ H3). by rewrite E.
  - quiet. apply wlp_last. apply (step_state _ _ _ _ _ _ _ _ _ H1). intros h2 H3 E _. finish; [|cbn; lia].
    unfold side. by rewrite (rd_state _ _ _ _ _ _ H3), (rd_incoming _ _ _ _ _ _ H3).
Qed.

Lemma round_read_key k inc pos c h : reading k READ_ENC_KEY inc pos c h -> m_position (m_readBuffer h) = 0 ->
  wlp (read_key env) (fun ok => progress (2 * k + 10) (again ok)) h.
Proof.
  intros Hh Hp. unfold read_key. apply (step_remaining _ _ _ _ _ _ _ _ Hh).
  set (rest := fun _ : unit => _).
  assert (Hrest : forall c h, reading k READ_ENC_KEY inc pos c h -> m_position (m_readBuffer h) = 0 ->
    wlp (rest tt) (fun ok => progress (2 * k + 10) (again ok)) h).
  { clear dependent c. clear dependent h. intros c h Hh Hp. unfold rest. apply step_gets.
    pose proof (reading_remaining _ _ _ _ _ _ Hh) as Hr. pose proof Hh as [[W1 W2 W3 W4] _ _ _ G5 _ _ _].
    unfold remaining in Hr. unfold size_end. rewrite Hp, Z.sub_0_r in Hr. rewrite Hr. destruct (Z.ltb_spec (zlen c) 96).
    - finish; [|done]. unfold side. by rewrite G5.
    - apply wlp_bind. by apply (round_take_key _ inc pos c). }
  destruct (zlen c <? enc_pad_read_size) eqn:E; [|by apply (Hrest c)].
  apply wlp_bind, (step_read _ _ _ _ _ _ _ _ _ Hh); [bool_prop; lia|]. intros s h1 H1 Hp1 _ _ _.
  apply (Hrest (c ++ s)); [done|]. by rewrite Hp1.
Qed.

Lemma round_key k inc pos c h : reading k READ_ENC_KEY inc pos c h -> m_position (m_readBuffer h) = 0 ->
  wlp (read_encryption_key env) (fun ok => progress (2 * k + 10) (again ok)) h.
Proof.
  intros Hh Hp. unfold read_encryption_key. apply step_gets. rewrite (rd_incoming _ _ _ _ _ _ Hh).
  destruct inc; [|by apply (round_read_key _ false pos c)]. apply (step_remaining _ _ _ _ _ _ _ _ Hh).
  set (rest := fun _ : unit => _).
  assert (Hrest : forall c h, reading k READ_ENC_KEY true pos c h -> m_position (m_readBuffer h) = 0 ->
    wlp (rest tt) (fun ok => progress (2 * k + 10) (again ok)) h).
  { clear dependent c. clear dependent h. intros c h Hh Hp. unfold rest. apply (step_remaining _ _ _ _ _ _ _ _ Hh).
    destruct (Z.ltb_spec (zlen c) 20).
    - finish; [|done]. unfold side. by rewrite (rd_state _ _ _ _ _ _ Hh).
    - apply (step_peek _ _ _ _ _ _ _ _ _ Hh); [lia|]. destruct (is_plain _).
      + quiet. quiet. apply (step_state _ _ _ _ _ _ _ _ _ Hh). intros h1 H1 _ _. clear dependent h. finish. cbn. lia.
      + by apply (round_read_key _ true pos c). }
  destruct (zlen c <? 20) eqn:E; [|by apply (Hrest c)].
  apply wlp_bind, (step_read _ _ _ _ _ _ _ _ _ Hh); [bool_prop; lia|]. intros s h1 H1 Hp1 _ _ _.
  apply (Hrest (c ++ s)); [done|]. by rewrite Hp1.
Qed.

Lemma step_find_sync {B} (f : option Z -> M B) Q k st inc pos c h : reading k st inc pos c h ->
  (forall i, match i with Some i => 0 <= i /\ i + zlen (m_sync (m_encryption h)) <= zlen c | None => True end -> wlp (f i) Q h) ->
  wlp (find_sync ≫= f) Q h.
Proof.
  intros Hh Hf. apply wlp_bind. unfold find_sync. apply (step_remaining _ _ _ _ _ _ _ _ Hh).
  pose proof (zlen_nonneg c). apply (step_peek _ _ _ _ _ _ _ _ _ Hh); [lia|]. apply step_gets. apply Hf.
  rewrite take_ge by (unfold zlen; lia). destruct (Proxy.search _ c) as [i|] eqn:E; [|done].
  destruct (Nat.ltb_spec i (length c)) as [Hi|]; [|done]. cbn. apply Proxy.search_first in E as [E _].
  apply Proxy.is_prefix_length in E. rewrite length_drop in E. unfold zlen. lia.
Qed.

Lemma round_found_sync k inc pos c h i : reading k READ_ENC_SYNC inc pos c h ->
  (inc = true -> zlen (m_sync (m_encryption h)) = 20) -> 0 <= i /\ i + zlen (m_sync (m_encryption h)) <= zlen c ->
  wlp (found_sync i) (fun ok => progress (2 * k + 9) (again ok)) h.
Proof.
  intros Hh Hi Hz. unfold found_sync. apply step_gets. rewrite (rd_incoming _ _ _ _ _ _ Hh).
  pose proof (zlen_nonneg (m_sync (m_encryption h))).
  destruct inc; [rewrite Hi in Hz by done|]; (apply (step_consume _ _ _ _ _ _ _ _ _ Hh); [lia|]); intros h1 H1 _; clear dependent h;
    apply (step_state _ _ _ _ _ _ _ _ _ H1); intros h2 H2 _ _; clear dependent h1; finish; cbn; lia.
Qed.

Lemma round_sync k inc pos c h : reading k READ_ENC_SYNC inc pos c h -> side h ->
  wlp read_encryption_sync (fun ok => progress (2 * k + 9) (again ok)) h.
Proof.
  intros Hh Hs. unfold side in Hs. rewrite (rd_state _ _ _ _ _ _ Hh), (rd_incoming _ _ _ _ _ _ Hh) in Hs.
  unfold read_encryption_sync. apply (step_find_sync _ _ _ _ _ _ _ _ Hh). intros [i|] Hi; [by eapply round_found_sync|].
  apply step_gets, (step_remaining _ _ _ _ _ _ _ _ Hh), step_throw. intros Hr. bool_prop.
  apply (step_read _ _ _ _ _ _ _ _ _ Hh); [lia|]. intros s h1 H1 _ _ He _. rewrite <- He in Hs.
  clear dependent h. apply (step_find_sync _ _ _ _ _ _ _ _ H1). intros [i|] Hi1; [by eapply round_found_sync|].
  finish; [|done]. unfold side. by rewrite (rd_state _ _ _ _ _ _ H1), (rd_incoming _ _ _ _ _ _ H1).
Qed.

Lemma xor_bytes_ok s t : bytes_ok s -> bytes_ok t -> bytes_ok (xor_bytes s t).
Proof.
  intros Hs. revert t. induction Hs as [|x s Hx Hs IH]; intros [|y t] Ht; cbn; try constructor.
  - apply Forall_cons in Ht as [Hy Ht]. by apply is_u8_lxor.
  - apply Forall_cons in Ht as [Hy Ht]. by apply IH.
Qed.

Lemma round_skey k inc pos c h : reading k READ_ENC_SKEY inc pos c h ->
  wlp read_encryption_skey (fun ok => progress (2 * k + 8) (again ok)) h.
Proof.
  intros Hh. unfold read_encryption_skey. apply (step_fill _ _ _ _ _ _ _ _ _ Hh). intros s h1 H1 _ _. clear dependent h.
  generalize dependent (c ++ s). clear c s. intros c Hh. destruct (Z.leb_spec 20 (zlen c)) as [Hc|]; cbn [negb]; [|by finish].
  apply (step_peek _ _ _ _ _ _ _ _ _ Hh); [lia|]. apply step_gets, step_lift. intros hash Ehash. apply step_gets, step_lift.
  intros b Eb. destruct (mem_write_spec _ _ _ _ (rd_buffer _ _ _ _ _ _ Hh) Eb) as (W1 & W2 & W3 & _ & _ & W6).
  assert (Hz : zlen (content b) = zlen c).
  { destruct (remaining_wf _ _ W1) as [Hr1 ->]. rewrite <- (reading_remaining _ _ _ _ _ _ Hh), Hr1, W2, W3.
    by destruct (remaining_wf _ _ (rd_buffer _ _ _ _ _ _ Hh)) as [-> _]. }
  assert (H2 : reading k READ_ENC_SKEY inc pos (content b) (set_read_buffer b h1)).
  { apply (reading_buffer k _ _ _ _ c); [done|done| |].
    - apply W6; [by eapply rd_memory|]. unfold deobfuscate_hash, salted_secret, sha1_salt in Ehash. res_inv.
      apply xor_bytes_ok; [by eapply Forall_take, reading_bytes|apply SHA1_bytes].
    - destruct (remaining_wf _ _ W1) as [_ <-]. lia. }
  rewrite <- Hz in Hc. clear Hz W1 W2 W3 W6 Eb Ehash Hh. generalize dependent (content b). clear c. intros c Hc Hh.
  eapply wlp_bind, wlp_modify. generalize dependent (set_read_buffer b h1). intros h Hh.
  quiet. quiet. apply (step_consume _ _ _ _ _ _ _ _ _ Hh); [lia|]. intros h3 H3 _. clear dependent h.
  quiet. quiet. quiet. quiet. quiet. quiet. quiet. apply step_gets.
  destruct (rd_buffer _ _ _ _ _ _ H3) as [W1 W2 W3 W4].
  apply (step_decrypt _ _ _ _ _ _ _ _ _ _ H3); [lia|]. intros c' h2 H2 _ _ _ _. clear dependent h3.
  quiet. quiet. apply (step_state _ _ _ _ _ _ _ _ _ H2). intros h4 H4 _ _. clear dependent h2. finish. cbn. lia.
Qed.

Lemma step_choose {B} (f : unit -> M B) Q k st inc pos c h : reading k st inc pos c h ->
  (forall c' h', reading k st inc pos c' h' -> wlp (f tt) Q h') -> wlp (choose_stream ≫= f) Q h.
Proof.
  intros Hh Hf. apply wlp_bind. unfold choose_stream. apply step_gets, step_gets. rewrite (rd_incoming _ _ _ _ _ _ Hh).
  destruct (rd_buffer _ _ _ _ _ _ Hh) as [W1 W2 W3 W4].
  destruct inc; [|repeat case_match; [| |done]].
  - apply wlp_last. eapply (step_still _ _ _ _ _ _ _ _ _ Hh); [still_auto|]. intros [] h1 H1. by apply (Hf c).
  - apply step_throw. intros _. apply step_gets, step_gets, wlp_last, (step_decrypt _ _ _ _ _ _ _ _ _ _ Hh); [lia|].
    intros c' h1 H1 _ _ _ _. by apply (Hf c').
  - apply step_throw. intros _. apply step_gets, wlp_last, (step_decrypt _ _ _ _ _ _ _ _ _ _ Hh); [lia|].
    intros c' h1 H1 _ _ _ _. by apply (Hf c').
Qed.

Lemma take_value n c : bytes_ok c -> 0 <= be_combine (take n c).
Proof. intros Hc. apply SocketAddress.be_combine_range. by apply Forall_take. Qed.

Lemma round_negotiation k inc pos c h : reading k READ_ENC_NEGOT inc pos c h ->
  wlp read_encryption_negotiation (fun ok => progress (2 * k + 7) (again ok)) h.
Proof.
  intros Hh. unfold read_encryption_negotiation. apply (step_fill _ _ _ _ _ _ _ _ _ Hh). intros s h1 H1 _ _. clear dependent h.
  generalize dependent (c ++ s). clear c s. intros c Hh. unfold enc_negotiation_size.
  destruct (Z.leb_spec (8 + 4 + 2) (zlen c)) as [Hc|]; cbn [negb]; [|by finish].
  apply step_gets. rewrite (rd_incoming _ _ _ _ _ _ Hh). set (rest := fun _ : unit => _).
  assert (Hrest : forall c h, reading k READ_ENC_NEGOT inc pos c h -> 14 <= zlen c ->
    wlp (rest tt) (fun ok => progress (2 * k + 7) (again ok)) h).
  { clear dependent c. clear dependent h1. intros c h Hh Hc. unfold rest, vc_length.
    apply (step_peek _ _ _ _ _ _ _ _ _ Hh); [lia|]. apply step_throw. intros _.
    apply (step_consume _ _ _ _ _ _ _ _ _ Hh); [lia|]. intros h1 H1 _. clear dependent h.
    apply (step_read_int 4 _ _ _ _ _ _ _ _ H1); [unfold zlen in *; rewrite length_drop; lia|]. intros h2 H2 _. clear dependent h1.
    quiet. apply (step_read_int 2 _ _ _ _ _ _ _ _ H2); [unfold zlen in *; rewrite !length_drop; lia|]. intros h1 H1 _.
    pose proof (take_value 2 _ (reading_bytes _ _ _ _ _ _ H2)) as Hv. clear dependent h2.
    generalize dependent (be_combine (take 2 (drop 4 (drop (Z.to_nat 8) c)))). intros v Hv.
    apply (step_read_pos _ _ _ _ _ _ _ _ _ H1). intros h2 H2. clear dependent h1. quiet.
    apply (step_choose _ _ _ _ _ _ _ _ H2). intros c' h1 H1. clear dependent h2.
    apply (step_state _ _ _ _ _ _ _ _ _ H1). intros h2 H2 _ _. clear dependent h1. finish; [|cbn; lia].
    unfold side. by rewrite (rd_state _ _ _ _ _ _ H2), (rd_pos _ _ _ _ _ _ H2). }
  destruct inc; [by apply (Hrest c)|]. apply wlp_bind. quiet. quiet. quiet. quiet. apply step_gets, wlp_last.
  destruct (rd_buffer _ _ _ _ _ _ Hh) as [W1 W2 W3 W4].
  apply (step_decrypt _ _ _ _ _ _ _ _ _ _ Hh); [lia|]. intros c' h2 H2 Hz _ _ _. apply (Hrest c'); [done|lia].
Qed.

Lemma round_reply k inc pos c h : reading k READ_ENC_PAD inc pos c h -> 0 <= pos ->
  wlp read_negotiation_reply (fun ok => progress (2 * k + 6) (again ok)) h.
Proof.
  intros Hh Hp. unfold read_negotiation_reply. apply step_gets. rewrite (rd_incoming _ _ _ _ _ _ Hh). destruct inc; cbn [negb].
  - apply (step_fill _ _ _ _ _ _ _ _ _ Hh). intros s h1 H1 _ _. clear dependent h. destruct (Z.leb_spec 2 (zlen (c ++ s))) as [Hc|]; cbn [negb].
    + apply (step_read_int 2 _ _ _ _ _ _ _ _ H1); [lia|]. intros h2 H2 _. clear dependent h1. quiet. quiet.
      apply (step_state _ _ _ _ _ _ _ _ _ H2). intros h1 H1 _ _. clear dependent h2. finish. cbn. lia.
    + finish; [|done]. unfold side. by rewrite (rd_state _ _ _ _ _ _ H1), (rd_pos _ _ _ _ _ _ H1).
  - quiet. apply (step_state _ _ _ _ _ _ _ _ _ Hh). intros h1 H1 _ _. clear dependent h. finish. cbn. lia.
Qed.

Lemma progress_mono m n f h : (m <= n)%nat -> progress m f h -> progress n f h.
Proof. intros Hn [Hr Hf]. split; [done|]. intros E. specialize (Hf E). lia. Qed.

Lemma round_pad k inc pos c h : reading k READ_ENC_PAD inc pos c h -> 0 <= pos -> wlp case_pad (progress (2 * k + 6)) h.
Proof.
  intros Hh Hp. unfold case_pad. apply step_gets, step_gets. rewrite (rd_incoming _ _ _ _ _ _ Hh), (rd_pos _ _ _ _ _ _ Hh).
  destruct (Z.eqb_spec pos 0) as [E|E].
  - apply wlp_bind. change (wlp (ok ← read_negotiation_reply; mret (again ok)) (progress (2 * k + 6)) h).
    by apply wlp_again, (round_reply _ inc pos c).
  - apply wlp_bind, (step_fill _ _ _ _ _ _ _ _ _ Hh). intros s h1 H1 _ _. clear dependent h.
    destruct (Z.leb_spec (pos + (if inc then 2 else 0)) (zlen (c ++ s))) as [Hc|]; cbn [negb].
    + apply (step_consume _ _ _ _ _ _ _ _ _ H1); [destruct inc; lia|]. intros h2 H2 _. clear dependent h1.
      apply (step_read_pos _ _ _ _ _ _ _ _ _ H2). intros h1 H1. clear dependent h2.
      change (wlp (ok ← read_negotiation_reply; mret (again ok)) (progress (2 * k + 6)) h1).
      apply wlp_again. eapply wlp_mono; [|eapply (round_reply _ _ _ _ _ H1); lia]. cbv beta. intros ok h. apply progress_mono. lia.
    + change (wlp (mret Break) (progress (2 * k + 6)) h1). finish; [|done]. unfold side.
      by rewrite (rd_state _ _ _ _ _ _ H1), (rd_pos _ _ _ _ _ _ H1).
Qed.

Lemma round_ia k inc pos c h : reading k READ_ENC_IA inc pos c h -> wlp case_ia (progress (2 * k + 5)) h.
Proof.
  intros Hh. unfold case_ia. apply step_gets. set (n := m_lengthIA _). set (rest := fun ok : bool => _).
  assert (Hrest : forall ok c h, reading k READ_ENC_IA inc pos c h -> wlp (rest ok) (progress (2 * k + 5)) h).
  { clear Hh c. intros ok c h1 Hh. unfold rest. destruct ok; cbn [negb]; [|by finish].
    quiet. quiet. quiet. apply (step_state _ _ _ _ _ _ _ _ _ Hh). intros h2 H2 _ _. clear dependent h1. finish. cbn. lia. }
  destruct (0 <? n); [|by apply (Hrest true c)].
  apply (step_fill _ _ _ _ _ _ _ _ _ Hh). intros s h1 H1 _ _. by apply (Hrest _ (c ++ s)).
Qed.

Lemma round_info k inc pos c h : reading k READ_INFO inc pos c h ->
  wlp (read_info env) (fun ok => progress (2 * k + 4) (again ok)) h.
Proof.
  intros Hh. unfold read_info. apply (step_fill _ _ _ _ _ _ _ _ _ Hh). intros s h1 H1 _ _. clear dependent h.
  generalize dependent (c ++ s). clear c s. intros c Hh. apply (step_remaining _ _ _ _ _ _ _ _ Hh).
  pose proof (zlen_nonneg c). apply (step_peek _ _ _ _ _ _ _ _ _ Hh); [lia|]. apply step_throw. intros _. unfold part1_size.
  destruct (Z.ltb_spec (zlen c) (20 + 28)) as [|Hc]; [by finish|].
  apply (step_consume _ _ _ _ _ _ _ _ _ Hh); [lia|]. intros h2 H2 _. clear dependent h1.
  apply (step_read_len 8 _ _ _ _ _ _ _ _ H2); [unfold zlen in *; rewrite length_drop; lia|]. intros h1 H1. clear dependent h2. quiet.
  assert (20 <= zlen (drop 8 (drop (Z.to_nat 20) c))) by (unfold zlen in *; rewrite !length_drop; lia).
  generalize dependent (drop 8 (drop (Z.to_nat 20) c)). intros c' H1 Hc'.
  apply (step_peek _ _ _ _ _ _ _ _ _ H1); [lia|]. quiet. quiet. apply (step_consume _ _ _ _ _ _ _ _ _ H1); [lia|].
  intros h2 H2 _. clear dependent h1. apply (step_state _ _ _ _ _ _ _ _ _ H2). intros h1 H1 _ _. clear dependent h2. finish. cbn. lia.
Qed.

Lemma step_peer_info {B} (f : unit -> M B) Q k st inc pos c h : reading k st inc pos c h -> 20 <= zlen c ->
  (forall h', reading (k - 20) st inc pos (drop 20 c) h' -> wlp (f tt) Q h') -> wlp (prepare_peer_info env ≫= f) Q h.
Proof.
  intros Hh Hc Hf. apply wlp_bind. unfold prepare_peer_info. quiet. apply (step_peek _ _ _ _ _ _ _ _ _ Hh); [lia|].
  quiet. quiet. quiet. quiet. quiet. apply (step_consume _ _ _ _ _ _ _ _ _ Hh); [lia|]. intros h1 H1 _. clear dependent h.
  apply wlp_last. eapply (step_still _ _ _ _ _ _ _ _ _ H1); [still_auto|]. intros [] h2 H2. by apply Hf.
Qed.

Lemma round_peer k inc pos c h : reading k READ_PEER inc pos c h ->
  wlp (read_peer env) (fun ok => progress (2 * k + 3) (again ok)) h.
Proof.
  intros Hh. unfold read_peer. apply (step_fill _ _ _ _ _ _ _ _ _ Hh). intros s h1 H1 _ _. clear dependent h.
  destruct (Z.leb_spec 20 (zlen (c ++ s))) as [Hc|]; cbn [negb]; [|by finish].
  apply (step_peer_info _ _ _ _ _ _ _ _ H1); [lia|]. intros h Hh. clear dependent h1. quiet. quiet. quiet. quiet.
  apply (step_state _ _ _ _ _ _ _ _ _ Hh). intros h1 H1 _ _. clear dependent h. unfold insert_write. quiet. finish. cbn. lia.
Qed.

Lemma step_any {A B} (m : M A) (f : A -> M B) Q h : (forall a h', wlp (f a) Q h') -> wlp (m ≫= f) Q h.
Proof. intros Hf. apply wlp_bind. unfold wlp. destruct (m h) as [a h'| |]; [|done..]. apply Hf. Qed.

(** The last message leaves for the last state. *)
Lemma step_post {B} must (f : unit -> M B) Q k st inc pos c h : reading k st inc pos c h ->
  (forall h', reading k POST_HANDSHAKE inc pos c h' -> wlp (f tt) Q h') -> wlp (prepare_post_handshake env must ≫= f) Q h.
Proof.
  intros Hh Hf. apply wlp_bind. unfold prepare_post_handshake. quiet. quiet. quiet.
  apply (step_state _ _ _ _ _ _ _ _ _ Hh). intros h1 H1 _ _. clear dependent h.
  apply wlp_last. eapply (step_still _ _ _ _ _ _ _ _ _ H1); [unfold write_done, remove_write; still_auto|]. intros [] h2 H2. by apply Hf.
Qed.

(** Once reading is done the connection is in one of the last states. *)
Lemma round_read_done k st inc pos c h n : reading k st inc pos c h -> free_state st ->
  wlp (read_done env;; mret Break) (progress n) h.
Proof.
  intros Hh Hst. unfold read_done, remove_read. apply wlp_bind.
  quiet. quiet. quiet. quiet. quiet. quiet. quiet. quiet. quiet.
  set (rest := fun _ : unit => _ ≫= _).
  assert (Hrest : forall st h, reading k st inc pos c h -> free_state st ->
    wlp (rest tt) (fun _ => wlp (mret Break) (progress n)) h).
  { clear dependent h. clear dependent st. intros st h Hh Hst. unfold rest. apply wlp_last.
    eapply (step_still _ _ _ _ _ _ _ _ _ Hh); [still_auto|]. intros [] h1 H1. change (wlp (mret Break) (progress n) h1). by finish. }
  match goal with |- context [if ?b then _ else _] => destruct b end; [|by apply (Hrest st)].
  apply (step_post _ _ _ _ _ _ _ _ _ Hh). intros h1 H1. by apply (Hrest POST_HANDSHAKE).
Qed.

(** A command that was read leaves less to read; one that was not stays. *)
Definition command_read (k : nat) (st : State) (inc : bool) (ok : bool) (h : Handshake) : Prop :=
  if ok then exists k' pos c, reading k' st inc pos c h /\ (2 * k' + 1 < 2 * k + rank st)%nat else ready h.

Lemma command_unread k st inc pos c h : reading k st inc pos c h -> side h -> command_read k st inc false h.
Proof. intros [] Hs. split; [by split|done]. Qed.

Lemma round_bitfield k inc pos c h : reading k READ_BITFIELD inc pos c h ->
  wlp read_bitfield (command_read k READ_BITFIELD inc) h.
Proof.
  intros Hh. unfold read_bitfield. apply step_gets, step_gets. rewrite (rd_pos _ _ _ _ _ _ Hh). set (size := Bitfield.size_bytes _).
  set (rest := fun _ : unit => _).
  assert (Hrest : forall pos h, reading k READ_BITFIELD inc pos c h -> wlp (rest tt) (command_read k READ_BITFIELD inc) h).
  { clear Hh pos. intros pos h1 Hh. unfold rest. apply step_gets. rewrite (rd_pos _ _ _ _ _ _ Hh). destruct (pos =? size).
    - exists k, pos, c. split; [done|]. cbn. lia.
    - eapply command_unread; [done|]. by eapply side_free. }
  destruct (Z.ltb_spec pos size); [|by apply (Hrest pos)]. apply wlp_bind, wlp_bind.
  pose proof (read_unthrottled_spec (size - pos) h ltac:(lia)) as Hr. unfold wlp at 1.
  destruct (read_unthrottled _ h) as [s h1|e h1|]; [|done..]. destruct Hr as (l & -> & Hz & Hb & Hs).
  assert (H1 : reading k READ_BITFIELD inc pos c (set_net l (net_out h) (sent h) h)).
  { destruct Hh as [G1 G2 G3 G4 G5 G6 G7 G8]. split; try done; [by apply Hs|]. unfold bytes_left in *. cbn [net_in set_net m_readBuffer]. lia. }
  generalize dependent (set_net l (net_out h) (sent h) h). clear Hh Hz Hb Hs. intros h1 H1.
  quiet. quiet. quiet. quiet. apply wlp_last, (step_read_pos _ _ _ _ _ _ _ _ _ H1). intros h2 H2. by eapply Hrest.
Qed.

(** The message that has to fit keeps its length. *)
Lemma step_room {B} (f : unit -> M B) Q k st inc pos c h : reading k st inc pos c h -> 4 <= zlen c ->
  (forall h', reading k st inc pos c h' -> be_combine (take 4 c) <= buffer_size -> wlp (f tt) Q h') -> wlp (make_room ≫= f) Q h.
Proof.
  intros Hh Hc Hf. apply wlp_bind. unfold make_room, peek_32. apply step_gets.
  rewrite (peek_int_content _ _ _ _ _ _ 4 Hh) by (unfold zlen in *; lia). apply step_lift. intros n [= <-].
  apply step_throw. unfold reserved. rewrite (wf_size _ _ (rd_buffer _ _ _ _ _ _ Hh)). intros Hn. bool_prop.
  destruct (_ <? _); [|by apply Hf]. apply step_lift. intros b Eb.
  refine (step_move_unused _ _ _ _ _ _ _ _ Hh _ b Eb). intros h1 H1 _. apply wlp_last, step_throw. intros _. by apply Hf.
Qed.

Definition message_length (c : list Z) : Z := be_combine (take 4 c).

Lemma message_length_app c s : 4 <= zlen c -> message_length (c ++ s) = message_length c.
Proof. intros Hc. unfold message_length. by rewrite take_app_le by (unfold zlen in *; lia). Qed.

(** The length of a message is read twice, and the message with it. *)
Lemma step_message {B} (f : bool -> M B) Q k st inc pos c h : reading k st inc pos c h -> 5 <= zlen c ->
  (forall s h', reading k st inc pos (c ++ s) h' -> 0 <= message_length c <= buffer_size ->
     wlp (f (message_length c + 4 <=? zlen (c ++ s))) Q h') ->
  wlp (make_room;; b ← gets m_readBuffer; n ← lift (peek_32 b); ok ← fill_read_buffer (n + 4); f ok) Q h.
Proof.
  intros Hh Hc Hf. apply (step_room _ _ _ _ _ _ _ _ Hh); [lia|]. intros h1 H1 Hn. clear dependent h. apply step_gets.
  unfold peek_32. rewrite (peek_int_content _ _ _ _ _ _ 4 H1) by (unfold zlen in *; lia). apply step_lift. intros n [= <-].
  pose proof (take_value 4 _ (reading_bytes _ _ _ _ _ _ H1)). apply (step_fill _ _ _ _ _ _ _ _ _ H1).
  intros s h2 H2 _ _. by apply Hf.
Qed.

Lemma round_extension k inc pos c h : reading k READ_EXT inc pos c h -> 5 <= zlen c ->
  wlp (read_extension env) (command_read k READ_EXT inc) h.
Proof.
  intros Hh Hc. unfold read_extension. apply (step_message _ _ _ _ _ _ _ _ Hh Hc). intros s h1 H1 Hn. clear dependent h.
  pose proof (message_length_app c s ltac:(lia)) as Hm.
  assert (Hl : 5 <= zlen (c ++ s)) by (unfold zlen in *; rewrite length_app; lia). rewrite <- Hm in *. clear Hm Hc.
  generalize dependent (c ++ s). clear c s. intros c Hh Hn Hc. pose proof (reading_bound _ _ _ _ _ _ Hh) as Hk.
  destruct (Z.leb_spec (message_length c + 4) (zlen c)) as [Hz|]; cbn [negb].
  2: { eapply command_unread; [done|]. unfold side. by rewrite (rd_state _ _ _ _ _ _ Hh), (rd_content _ _ _ _ _ _ Hh). }
  apply (step_read_int 4 _ _ _ _ _ _ _ _ Hh); [lia|]. fold (message_length c). intros h2 H2 _. clear dependent h1.
  destruct (Z_lt_dec (message_length c) 2) as [Hs|Hs].
  - apply step_any. intros _ h3. apply step_any. intros ty h4. apply step_gets, step_lift. intros e Ee.
    exfalso. unfold Extensions.read_start in Ee. res_inv. bool_prop.
    assert (E : message_length c = 0 \/ message_length c = 1) by lia. clear - E H0.
    by destruct E as [E|E]; rewrite E in H0; vm_compute in H0.
  - unfold zlen in Hz, Hc. apply (step_read_int 1 _ _ _ _ _ _ _ _ H2); [unfold zlen in *; rewrite !length_drop; lia|]. intros h1 H1 _. clear dependent h2.
    apply (step_read_int 1 _ _ _ _ _ _ _ _ H1); [unfold zlen in *; rewrite !length_drop; lia|]. intros h2 H2 _. clear dependent h1.
    assert (Hu : u32 (message_length c - 2) = message_length c - 2) by (apply u32_small; change buffer_size with 1254 in Hn; lia).
    rewrite Hu. rewrite !drop_drop in H2. cbn [Nat.add] in H2.
    assert (Hz' : message_length c - 2 <= zlen (drop 6 c)) by (unfold zlen; rewrite length_drop; lia).
    quiet. quiet. quiet. quiet. quiet. quiet. quiet. quiet. quiet. quiet.
    match goal with |- context [let '(_, _) := ?p in _] => destruct p as [[[? ?] ?] ?] end.
    quiet. quiet. apply (step_consume _ _ _ _ _ _ _ _ _ H2); [lia|]. intros h1 H1 _. clear dependent h2.
    eexists _, _, _. split; [exact H1|]. cbn [rank]. lia.
Qed.

Lemma round_port k inc pos c h : reading k READ_PORT inc pos c h -> 5 <= zlen c -> message_length c <> 0 ->
  wlp read_port (command_read k READ_PORT inc) h.
Proof.
  intros Hh Hc Hne. unfold read_port. apply (step_message _ _ _ _ _ _ _ _ Hh Hc). intros s h1 H1 Hn. clear dependent h.
  pose proof (message_length_app c s ltac:(lia)) as Hm.
  assert (Hl : 5 <= zlen (c ++ s)) by (unfold zlen in *; rewrite length_app; lia). rewrite <- Hm in *. clear Hm Hc.
  generalize dependent (c ++ s). clear c s. intros c Hne Hh Hn Hc. pose proof (reading_bound _ _ _ _ _ _ Hh) as Hk.
  destruct (Z.leb_spec (message_length c + 4) (zlen c)) as [Hz|]; cbn [negb].
  2: { eapply command_unread; [done|]. unfold side. by rewrite (rd_state _ _ _ _ _ _ Hh), (rd_content _ _ _ _ _ _ Hh). }
  apply (step_read_int 4 _ _ _ _ _ _ _ _ Hh); [lia|]. fold (message_length c). intros h2 H2 _. clear dependent h1.
  apply (step_read_int 1 _ _ _ _ _ _ _ _ H2); [unfold zlen in *; rewrite !length_drop; lia|]. intros h1 H1 _. clear dependent h2.
  assert (Hu : u32 (message_length c - 1) = message_length c - 1) by (apply u32_small; change buffer_size with 1254 in Hn; lia).
  rewrite Hu. rewrite !drop_drop in H1. cbn [Nat.add] in H1.
  assert (Hz' : message_length c - 1 <= zlen (drop 5 c)) by (unfold zlen in *; rewrite length_drop; lia).
  quiet. apply (step_consume _ _ _ _ _ _ _ _ _ H1); [lia|]. intros h2 H2 _. clear dependent h1.
  eexists _, _, _. split; [exact H2|]. cbn [rank]. unfold zlen in *. lia.
Qed.

Lemma round_command h : ready h -> (m_state h = READ_BITFIELD \/ m_state h = READ_EXT \/ m_state h = READ_PORT) ->
  wlp (case_command env) (progress (measure h)) h.
Proof.
  intros [Hh Hs] Hst. unfold case_command, measure. apply step_gets.
  assert (Hc : wlp (match m_state h with READ_BITFIELD => read_bitfield | READ_EXT => read_extension env | _ => read_port end)
                 (command_read (bytes_left h) (m_state h) (m_incoming h)) h).
  { unfold side in Hs. destruct Hst as [E|[E|E]]; rewrite E in *.
    - by eapply round_bitfield.
    - by eapply round_extension.
    - by eapply round_port; try done; apply Hs. }
  apply wlp_bind. eapply wlp_mono; [|exact Hc]. cbv beta. intros [] h1; cbn [command_read negb]; [|by split].
  intros (k & pos & c & H1 & Hk). apply (step_state _ _ _ _ _ _ _ _ _ H1). intros h2 H2 _ _. clear H1 h1. quiet. quiet. quiet.
  destruct (_ && _).
  - by eapply round_read_done.
  - finish. intros _. cbn [rank]. lia.
Qed.

Lemma round_start_bitfield k st inc pos c h n : reading k st inc pos c h -> 5 <= zlen c -> (2 * k < n)%nat ->
  wlp start_bitfield (progress n) h.
Proof.
  intros Hh Hc Hn. pose proof (reading_bound _ _ _ _ _ _ Hh) as Hk. unfold start_bitfield. quiet. quiet. quiet.
  apply (step_read_int 4 _ _ _ _ _ _ _ _ Hh); [lia|]. intros h1 H1 _. clear dependent h. quiet.
  apply (step_read_int 1 _ _ _ _ _ _ _ _ H1); [unfold zlen in *; rewrite length_drop; lia|]. intros h2 H2 _. clear dependent h1. quiet.
  apply (step_remaining _ _ _ _ _ _ _ _ H2). rewrite drop_drop in *.
  match goal with |- context [Bitfield.size_bytes ?b] => set (bf := b) end.
  assert (Hp : 0 <= Z.min (Bitfield.size_bytes bf) (zlen (drop (4 + 1) c)) <= zlen (drop (4 + 1) c)).
  { pose proof (zlen_nonneg (drop (4 + 1) c)). assert (0 <= Bitfield.size_bytes bf); [|lia].
    unfold Bitfield.size_bytes. apply Z.div_pos; [|lia]. apply u32_range. }
  generalize dependent (Z.min (Bitfield.size_bytes bf) (zlen (drop (4 + 1) c))). intros p Hp. quiet. quiet. quiet.
  apply (step_read_pos _ _ _ _ _ _ _ _ _ H2). intros h1 H1. clear dependent h2.
  apply (step_consume _ _ _ _ _ _ _ _ _ H1); [lia|]. intros h2 H2 _. clear dependent h1.
  apply (step_state _ _ _ _ _ _ _ _ _ H2). intros h1 H1 _ _. clear dependent h2. finish. intros _. cbn [rank]. unfold zlen in *. lia.
Qed.

(** What [case_message] does once five bytes are there. *)
Lemma round_message k st inc pos c h : reading k st inc pos c h -> (st = READ_MESSAGE \/ st = POST_HANDSHAKE) ->
  wlp (case_message env) (progress (2 * k + 1)) h.
Proof.
  intros Hh Hst. assert (Hfree : free_state st) by (by destruct Hst; subst st). unfold case_message. quiet.
  match goal with |- context [d_meta ?x] => destruct (d_meta x) end.
  { quiet. quiet. quiet. by eapply round_read_done. }
  apply step_gets. set (rest := fun _ : unit => _).
  assert (Hrest : forall h, reading k st inc pos c h -> wlp (rest tt) (progress (2 * k + 1)) h).
  2: { destruct (_ <? _); [|by apply Hrest]. apply wlp_bind, step_lift. intros b Eb.
       apply wlp_last. refine (step_move_unused _ _ _ _ _ _ _ _ Hh _ b Eb). intros h1 H1 _. by apply Hrest. }
  clear dependent h. intros h Hh. unfold rest. apply (step_fill _ _ _ _ _ _ _ _ _ Hh). intros s h1 H1 _ _. clear dependent h.
  generalize dependent (c ++ s). clear c s. intros c Hh. apply step_gets.
  rewrite (reading_remaining _ _ _ _ _ _ Hh). apply step_lift. intros keep Ek.
  assert (Hkeep : 4 <= zlen c -> keep = (message_length c =? 0)).
  { intros H4. rewrite (proj2 (Z.leb_le _ _) H4) in Ek. unfold peek_32 in Ek.
    rewrite (peek_int_content _ _ _ _ _ _ 4 Hh) in Ek by (unfold zlen in *; lia). cbn [mbind res_bind] in Ek. by injection Ek as <-. }
  destruct keep.
  { destruct (Z.leb_spec 4 (zlen c)); [|done].
    apply (step_read_int 4 _ _ _ _ _ _ _ _ Hh); [lia|]. intros h2 H2 _. eapply round_read_done; done. }
  destruct (Z.ltb_spec (zlen c) 5) as [|Hc]; [by finish|]. specialize (Hkeep ltac:(lia)). symmetry in Hkeep. bool_prop.
  apply (step_read_pos _ _ _ _ _ _ _ _ _ Hh). intros h2 H2. apply step_lift. intros code _. clear dependent h1. apply step_gets.
  destruct (_ =? _); [by eapply round_start_bitfield; [done|lia|lia]|]. destruct (_ && _).
  - apply (step_state _ _ _ _ _ _ _ _ _ H2). intros h3 H3 _ _. finish; [|cbn; lia].
    unfold side. by rewrite (rd_state _ _ _ _ _ _ H3), (rd_content _ _ _ _ _ _ H3).
  - destruct (_ =? _); [|by eapply round_read_done].
    apply (step_state _ _ _ _ _ _ _ _ _ H2). intros h3 H3 _ _. finish; [|cbn; lia].
    unfold side. by rewrite (rd_state _ _ _ _ _ _ H3), (rd_content _ _ _ _ _ _ H3).
Qed.

(** A proxy takes no more than it was given. *)
Lemma http_search_bound p s : 0 <= fst (Proxy.http_search p s) <= zlen s.
Proof.
  unfold Proxy.http_search. pose proof (zlen_nonneg s). destruct (Z.ltb_spec (zlen s) 4); [cbn; lia|].
  destruct (Proxy.search _ s) as [i|] eqn:E; cbn [fst]; [|lia]. apply Proxy.search_first in E as [E _].
  apply Proxy.is_prefix_length in E. rewrite length_drop in E. change (length Proxy.part3) with 4%nat in E. unfold zlen in *. lia.
Qed.

Lemma connect_reply_bound p s : bytes_ok s -> 0 <= fst (Proxy.connect_reply p s) <= zlen s.
Proof.
  intros Hs. unfold Proxy.connect_reply. pose proof (zlen_nonneg s). repeat case_match; cbn [fst]; try lia.
  bool_prop. assert (0 <= z); [|lia]. unfold Proxy.address_size in *. repeat case_match; simplify_eq; try lia.
  unfold Proxy.byte_of. destruct (nth_in_or_default 4 s 0) as [Hi| ->]; [|lia].
  unfold bytes_ok in Hs. rewrite List.Forall_forall in Hs. specialize (Hs _ Hi). unfold is_u8 in Hs. lia.
Qed.

Lemma proxy_read_bound p s n p' : bytes_ok s -> Proxy.read p s = Ok (n, p') -> 0 <= n <= zlen s.
Proof.
  intros Hs E. pose proof (zlen_nonneg s). destruct p as [p|p]; cbn [Proxy.read] in E.
  - unfold Proxy.http_read in E. res_inv. repeat case_match; simplify_eq; try lia;
      [pose proof (http_search_bound (Proxy.verified p) s) as Hb|pose proof (http_search_bound p s) as Hb]; by rewrite E0 in Hb.
  - unfold Proxy.socks5_read in E. res_inv. pose proof (connect_reply_bound p s Hs).
    unfold Proxy.greeting_reply, Proxy.auth_reply in *. repeat case_match; simplify_eq; bool_prop; try lia; by match goal with E : Proxy.connect_reply _ _ = _ |- _ => rewrite E in * end.
Qed.

Lemma reading_state s k st inc pos c h : reading k st inc pos c h -> reading k s inc pos c (set_state s h).
Proof. by intros []. Qed.

(** The dialogue with a proxy goes on at the next event. *)
Lemma round_proxy k inc pos c h n : reading k PROXY_READ inc pos c h ->
  wlp (read_proxy) (fun ok => progress n (if ok then LeaveForWrite else Break)) h.
Proof.
  intros Hh. unfold read_proxy. apply step_gets, step_throw. intros Hr. bool_prop.
  rewrite (reserved_left_wf _ _ (rd_buffer _ _ _ _ _ _ Hh)) in *. destruct (rd_buffer _ _ _ _ _ _ Hh) as [_ _ _ W].
  apply (step_read _ _ _ _ _ _ _ _ _ Hh); [lia|]. intros s h1 H1 _ _ _ _. clear dependent h.
  generalize dependent (c ++ s). clear c s. intros c Hh. quiet. quiet. apply (step_remaining _ _ _ _ _ _ _ _ Hh).
  pose proof (zlen_nonneg c). apply (step_peek _ _ _ _ _ _ _ _ _ Hh); [lia|]. apply step_lift. intros [m p] Ep. cbv beta iota.
  apply proxy_read_bound in Ep; [|by eapply Forall_take, reading_bytes].
  assert (Hm : 0 <= m <= zlen c) by (unfold zlen in *; rewrite length_take in Ep; lia). clear Ep.
  apply wlp_bind, wlp_modify. assert (H2 : reading k PROXY_READ inc pos c (set_proxy (Some p) h1)) by (by apply (reading_view _ _ _ _ _ h1)).
  pose proof (reading_consume (Z.to_nat m) _ _ _ _ _ _ H2 ltac:(unfold zlen in *; lia)) as H3. cbv zeta in H3.
  unfold rb_consume, rb_upd. apply wlp_bind, wlp_modify. unfold set_position_itr in H3. rewrite Z2Nat.id in H3 by lia. cbn [snd consume].
  set (h3 := set_read_buffer _ _) in *. assert (Hp : m_proxy h3 = Some p) by done. clearbody h3. clear H2 Hh.
  destruct (Proxy.next_action p).
  - apply wlp_bind, wlp_modify, wlp_bind, wlp_modify, wlp_bind, wlp_modify. eapply progress_made; [|by cbn; rewrite Hp|done].
    eapply reading_state. by eapply (reading_view _ _ _ _ _ h3).
  - by finish.
  - apply step_gets, step_lift. intros b Eb. refine (step_move_unused _ _ _ _ _ _ _ _ H3 _ b Eb). intros h4 H4 E4.
    apply (step_state _ _ _ _ _ _ _ _ _ H4). intros h5 H5 _ E5. finish; [|done]. unfold side.
    by rewrite (rd_state _ _ _ _ _ _ H5), E5.
  - done.
Qed.

Lemma read_round h : ready h -> wlp (switch_read env) (progress (measure h)) h.
Proof.
  intros Hr. pose proof Hr as [Hh Hs]. unfold switch_read. apply step_gets. unfold measure.
  destruct (m_state h) eqn:E; try done; cbn [rank]; try (by unfold side in Hs; rewrite E in Hs;
    eauto using wlp_again, round_key, round_skey, round_negotiation, round_pad, round_ia, round_info, round_peer, round_message).
  - apply wlp_bind. by eapply round_proxy.
  - by eapply wlp_again, round_sync.
  - replace (2 * bytes_left h + 2)%nat with (measure h) by (unfold measure; by rewrite E). by apply round_command; [|left].
  - replace (2 * bytes_left h + 0)%nat with (measure h) by (unfold measure; by rewrite E). by apply round_command; [|right; left].
  - replace (2 * bytes_left h + 0)%nat with (measure h) by (unfold measure; by rewrite E). by apply round_command; [|right; right].
Qed.

Lemma loop_ends fuel h : ready h -> (measure h < fuel)%nat ->
  wlp (read_loop env fuel) (fun f h' => f <> None /\ ready h') h.
Proof.
  revert h. induction fuel as [|fuel IH]; intros h Hr Hm; [lia|]. cbn [read_loop]. apply wlp_bind.
  eapply wlp_mono; [|by apply read_round]. intros [] h1 [H1 H2]; [by split| |by split]. apply IH; [done|].
  specialize (H2 eq_refl). lia.
Qed.

Lemma fuel_enough h : (measure h < read_fuel h)%nat.
Proof. unfold measure, read_fuel, bytes_left. destruct (m_state h); cbn [rank]; lia. Qed.

(** ** Writing keeps what reading needs *)

(** What [side] looks at besides the buffer. *)
Definition side_view (h : Handshake) := (view h, m_encryption h, m_proxy h).

Lemma ready_view h h' : side_view h' = side_view h -> ready h -> ready h'.
Proof.
  intros E [Hh Hs]. unfold side_view in E. assert (Ev : view h' = view h) by congruence.
  unfold view in Ev. injection E as Eb En Es Ei Ep Ee Ex. split.
  - unfold bytes_left. rewrite Eb, En, Es, Ei, Ep. by eapply reading_view.
  - unfold side in *. by rewrite Eb, Es, Ei, Ep, Ee, Ex.
Qed.

Lemma flush_keeps h : wlp flush (fun _ h' => side_view h' = side_view h) h.
Proof.
  unfold flush. apply step_gets, step_throw. intros _. apply wlp_bind. unfold flush_buffer. apply step_gets, step_lift.
  intros s _. apply wlp_bind. unfold wlp at 1, write_unthrottled.
  assert (Hrest : forall n h', side_view h' = side_view h ->
    wlp (let '(all, b) := consume (m_writeBuffer h) n in modify (set_write_buffer b);; mret all)
      (fun all => wlp (if all : bool then st ← gets m_state; if bool_decide (st = POST_HANDSHAKE) then write_done else remove_write else mret tt)
         (fun _ h' => side_view h' = side_view h)) h').
  { intros n h' E. destruct (consume _ n) as [all b]. apply wlp_bind, wlp_modify, wlp_ret. destruct all; [|done].
    apply step_gets. case_bool_decide; [|done]. unfold write_done. apply wlp_bind, wlp_modify, wlp_bind, wlp_modify, step_gets.
    by apply wlp_throw_if. }
  destruct s as [|x s]; [done|]. destruct (net_out h) as [|[] o]; try done; by apply Hrest.
Qed.

Lemma flush_ready h : ready h -> wlp flush (fun _ => ready) h.
Proof. intros Hr. eapply wlp_mono; [|apply flush_keeps]. cbv beta. intros _ h' E. by eapply ready_view. Qed.

Lemma reading_ready k st inc pos c h : reading k st inc pos c h -> side h -> ready h.
Proof. intros [] Hs. split; [by split|done]. Qed.

Lemma reading_position k st inc pos c h h' : view h' = view h -> reading k st inc pos c h -> m_position (m_readBuffer h) = 0 ->
  reading k st inc pos c h' /\ m_position (m_readBuffer h') = 0.
Proof. intros E Hh Hp. split; [by eapply reading_view|]. unfold view in E. by injection E as -> _. Qed.

Lemma step_still_front {A B} (m : M A) (f : A -> M B) Q k st inc pos c h : reading k st inc pos c h /\ m_position (m_readBuffer h) = 0 ->
  still m -> (forall a h', reading k st inc pos c h' /\ m_position (m_readBuffer h') = 0 -> wlp (f a) Q h') -> wlp (m ≫= f) Q h.
Proof.
  intros [Hh Hp] Hm Hf. apply wlp_bind, wlp_still; [done|]. intros a h' E. apply Hf. by eapply reading_position.
Qed.

Lemma outgoing_ready k st inc pos c h : reading k st inc pos c h -> m_position (m_readBuffer h) = 0 ->
  wlp (start_outgoing env) (fun _ => ready) h.
Proof.
  intros Hh Hp. unfold start_outgoing.
  assert (Hs : forall s h, reading k st inc pos c h /\ m_position (m_readBuffer h) = 0 ->
    match s with READ_ENC_KEY | READ_PEER | READ_INFO => True | _ => False end -> wlp (to_state s) (fun _ => ready) h).
  { clear. intros s h [Hh Hp] Hs. apply wlp_modify. eapply reading_ready; [by eapply reading_state|]. by destruct s. }
  assert (Hf : reading k st inc pos c h /\ m_position (m_readBuffer h) = 0) by done. clear Hh Hp.
  do 4 (eapply (step_still_front _ _ _ _ _ _ _ _ _ Hf); [still_auto|]; clear Hf h; intros ? h Hf).
  destruct (EncryptionPolicy.prefer_encrypted_handshake _).
  - do 2 (eapply (step_still_front _ _ _ _ _ _ _ _ _ Hf); [still_auto|]; clear Hf h; intros ? h Hf). by apply Hs.
  - do 3 (eapply (step_still_front _ _ _ _ _ _ _ _ _ Hf); [still_auto|]; clear Hf h; intros ? h Hf). apply Hs; [done|].
    by match goal with |- context [if ?b then _ else _] => destruct b end.
Qed.

Lemma still_write_unthrottled s : still (write_unthrottled s).
Proof. intros h. unfold wlp, write_unthrottled. destruct s; [done|]. by destruct (net_out h) as [|[] o]. Qed.
#[local] Hint Resolve still_write_unthrottled : still.

Lemma still_flush_buffer : still flush_buffer.
Proof. unfold flush_buffer. still_auto. Qed.
#[local] Hint Resolve still_flush_buffer : still.

Lemma write_proxy_ready k st inc pos c h : reading k st inc pos c h -> wlp write_proxy (fun _ => ready) h.
Proof.
  intros Hh. unfold write_proxy, remove_write, insert_read. quiet. quiet. quiet. quiet. quiet.
  match goal with |- context [let '(_, _) := ?x in _] => destruct x end. quiet. quiet. quiet.
  destruct (Proxy.next_action _); try done. quiet. quiet. apply wlp_modify. eapply reading_ready; [by eapply reading_state|done].
Qed.

Lemma write_bitfield_ready h : ready h -> (m_state h = READ_MESSAGE \/ m_state h = READ_BITFIELD \/ m_state h = READ_EXT) ->
  wlp (write_bitfield env) (fun _ => ready) h.
Proof.
  intros [Hh Hs] Hst.
  assert (Hend : forall h', reading (bytes_left h) (m_state h) (m_incoming h) (m_readPos h) (content (m_readBuffer h)) h' -> ready h').
  { intros h' H'. eapply reading_ready; [done|]. unfold side in *. rewrite (rd_state _ _ _ _ _ _ H'), (rd_content _ _ _ _ _ _ H').
    by destruct Hst as [E|[E|E]]; rewrite E in *. }
  generalize dependent (bytes_left h). generalize dependent (m_state h). generalize dependent (m_readPos h).
  generalize dependent (content (m_readBuffer h)). generalize (m_incoming h). intros inc c pos st Hst k Hh Hend. clear Hs Hst.
  unfold write_bitfield, write_bitfield_encrypted, write_bitfield_plain, remove_write. quiet. quiet. quiet. quiet.
  eapply (step_still _ _ _ _ _ _ _ _ _ Hh); [by still_auto|]. clear dependent h. intros [] h Hh; cbn [negb]; [|by apply Hend].
  quiet. quiet. quiet. quiet. destruct (_ =? _); [|by apply Hend]. quiet.
  match goal with |- context [negb ?b] => destruct b end; cbn [negb]; [|by apply Hend; eapply reading_view; [|done]].
  apply wlp_last, (step_post _ _ _ _ _ _ _ _ _ Hh). intros h1 H1. by eapply reading_ready, side_free.
Qed.

Lemma write_ready e h : ready h -> wlp (switch_write env e) (fun _ => ready) h.
Proof.
  intros Hr. pose proof Hr as [Hh Hs]. unfold switch_write, connected_or_proxy. apply step_gets. unfold side in Hs.
  assert (Hflush : forall m : M unit, wlp m (fun _ => ready) h -> wlp (m;; flush) (fun _ => ready) h).
  { intros m Hm. apply wlp_bind. eapply wlp_mono; [|exact Hm]. cbv beta. intros _ h' Hr'. by apply flush_ready. }
  destruct (m_state h) eqn:E; try (by apply flush_ready); try (by apply write_bitfield_ready; [|rewrite E; auto]).
  - apply step_throw. intros _. apply step_gets. destruct (m_proxy h); [by eapply Hflush, write_proxy_ready|].
    apply wlp_bind, wlp_modify.
    assert (Hh1 := reading_view _ _ _ _ _ h (set_poll true (in_write h) h) eq_refl Hh).
    apply wlp_bind. eapply wlp_mono; [|by eapply (outgoing_ready _ _ _ _ _ _ Hh1)]. cbv beta. intros _ h' Hr'. by apply flush_ready.
  - apply step_gets. destruct (m_proxy h); [by eapply Hflush, write_proxy_ready|done].
  - by eapply Hflush, outgoing_ready.
Qed.

End Reading.

(** ** Whatever happens *)

Section Sessions.
Context `{HC : Crypto} `{HB : ByteOrder} `{HL : !CryptoLaws}.

(** The life of a handshake: it starts on either side, data arrives and room
    to send appears, the downloads change, and its handlers are called. *)
Inductive session : Handshake -> Prop :=
| session_incoming sa policy ds i o : script_ok i -> session (initialize_incoming sa policy ds i o)
| session_outgoing sa policy proxy dl p ds i o h : script_ok i ->
    initialize_outgoing sa policy proxy dl p ds i o = Ok h -> session h
| session_net i o s h : script_ok i -> session h -> session (set_net i o s h)
| session_downloads ds h : session h -> session (set_downloads ds h)
| session_read env h h' : session h -> event_read env h = Going h' -> session h'
| session_write env e h h' : session h -> event_write env e h = Going h' -> session h'.

Lemma empty_buffer_ok : wf buffer_size empty_buffer /\ bytes_ok (m_buffer empty_buffer) /\ content empty_buffer = [].
Proof.
  split; [|split; [|by vm_compute]].
  - split; [by vm_compute|done|by vm_compute|by vm_compute].
  - apply Forall_replicate. split; [lia|done].
Qed.

Lemma fresh_ready h : m_readBuffer h = empty_buffer -> script_ok (net_in h) ->
  (m_state h = CONNECTING \/ m_state h = READ_ENC_KEY \/ m_state h = READ_INFO) -> ready h.
Proof.
  intros Eb Hi Hst. destruct empty_buffer_ok as (G1 & G2 & G3). split.
  - by split; rewrite ?Eb.
  - unfold side. rewrite Eb. by destruct Hst as [E|[E|E]]; rewrite E.
Qed.

Lemma ready_net i o s h : script_ok i -> ready h -> ready (set_net i o s h).
Proof. intros Hi [[G1 G2 G3 G4 G5 G6 G7 G8] Hs]. by split; [split|]. Qed.

Lemma event_write_ready env e h h' : ready h -> event_write env e h = Going h' -> ready h'.
Proof.
  intros Hr. unfold event_write, caught. pose proof (write_ready env e h Hr) as Hw. unfold wlp in Hw.
  destruct (switch_write env e h) as [[] h1|[]|]; try done. by intros [= <-].
Qed.

Lemma event_write_ends env e h : event_write env e h <> OutOfFuel.
Proof. unfold event_write, caught. by destruct (switch_write env e h) as [?|[]|]. Qed.

(** The handler of reading, from a state that is ready. *)
Lemma event_read_ready env h : ready h ->
  event_read env h <> OutOfFuel /\ forall h', event_read env h = Going h' -> ready h'.
Proof.
  intros Hr. unfold event_read, caught. pose proof (loop_ends env (read_fuel h) h Hr (fuel_enough h)) as Hl. unfold wlp in Hl.
  destruct (read_loop env (read_fuel h) h) as [f h1|[]|]; try done. destruct Hl as [Hf H1].
  assert (Hw : forall h2, ready h2 -> event_write env 0 h2 <> OutOfFuel /\ forall h', event_write env 0 h2 = Going h' -> ready h').
  { intros h2 H2. split; [apply event_write_ends|]. intros h'. by apply event_write_ready. }
  assert (Hp : ready (set_poll (in_read h1) true h1)) by (by apply (ready_view h1)).
  destruct f as [[]|]; [| |by apply Hw|done]; (destruct (_ && _); [by apply Hw|]); split; try done; by intros h' [= <-].
Qed.

Lemma session_ready h : session h -> ready h.
Proof.
  induction 1 as [sa policy ds i o Hi|sa policy proxy dl p ds i o h Hi E|i o s h Hi _ IH|ds h _ IH|env h h' _ IH E|env e h h' _ IH E].
  - apply fresh_ready; [done..|]. cbn. destruct (EncryptionPolicy.allow_encrypted_handshake policy); auto.
  - unfold initialize_outgoing in E. res_inv. apply fresh_ready; [done..|]. by left.
  - by apply ready_net.
  - by apply (ready_view h).
  - by eapply event_read_ready.
  - by eapply event_write_ready.
Qed.

(** C8: Reading ends.  At any point of a handshake's life, whatever has
    arrived, the rounds of [event_read] come to an end: the fuel the model
    gives them is never used up. *)
Theorem read_loop_ends env h : session h -> event_read env h <> OutOfFuel.
Proof. intros Hs. by apply event_read_ready, session_ready. Qed.

End Sessions.

Section ReadWitness.
Import HandshakeRun Toy.
#[local] Instance read_side : ByteOrder := true.

(** A peer sends its greeting, a port message and a keep-alive at once. *)
Definition chatty_peer : Handshake :=
  set_net [Received (plain_hello 3 ++ [0; 0; 0; 3; 9; 26; 225; 0; 0; 0; 0])] [] []
    (incoming_side (sample_policy EncryptionPolicy.ENCRYPTION_MODE_ALLOW EncryptionPolicy.ENCRYPTION_MODE_ALLOW)
       (data_bits 10 [255; 192])).

Lemma read_loop_ends_witness : event_read (sample_env 7) chatty_peer <> OutOfFuel.
Proof.
  apply read_loop_ends. apply session_net; [|apply session_incoming; constructor].
  apply Forall_cons. split; [|constructor]. by apply (bool_decide_unpack _); vm_compute.
Defined.

End ReadWitness.

End HandshakeProgress.
