(* ===== verification/HandshakeManager.v ===== *)
(** * Handshakes in progress (src/protocol/handshake_manager.cc)

    Module [HandshakeManager]: the list of handshakes, the policy each one
    starts with, the second attempt after a failure, and the hand-over of a
    connection whose handshake is done.  Opening sockets is the operating
    system's: how it went is an argument.  The downloads and their connection
    lists are shared by all handshakes; a handshake sees the downloads as they
    are when it runs. *)

From S2P Require Import Prelude Object ProtocolBase Bitfield SocketAddress Utils Encryption Proxy PeerList ConnectionList Extensions Handshake.

Module HandshakeManager.
Import ProtocolBuffer SocketAddress PeerInfo PeerList EncryptionPolicy HandshakeEncryption Handshake.

Section Manager.
Context `{Crypto} `{ByteOrder}.

(** Handshakes by pointer, the downloads, and what a download has besides: its
    connections and whether seeders are wanted. *)
Record HandshakeManager := mkManager {
  handshakes : list (Z * Handshake);
  m_downloads : list download;
  connections : list ConnectionList.ConnectionList;
  done_flags : list (bool * bool);
  closed_sockets : nat
}.

Definition with_handshakes (m : HandshakeManager) (l : list (Z * Handshake)) : HandshakeManager :=
  mkManager l (m_downloads m) (connections m) (done_flags m) (closed_sockets m).
Definition with_downloads (m : HandshakeManager) (ds : list download) : HandshakeManager :=
  mkManager (handshakes m) ds (connections m) (done_flags m) (closed_sockets m).
Definition with_connections (m : HandshakeManager) (i : nat) (c : ConnectionList.ConnectionList) : HandshakeManager :=
  mkManager (handshakes m) (m_downloads m) (<[i := c]> (connections m)) (done_flags m) (closed_sockets m).
Definition close_socket (m : HandshakeManager) : HandshakeManager :=
  mkManager (handshakes m) (m_downloads m) (connections m) (done_flags m) (S (closed_sockets m)).

Definition of_download (i : nat) (h : Handshake) : bool := bool_decide (m_download h = Some i).

Definition size_info (i : nat) (m : HandshakeManager) : nat :=
  length (List.filter (fun e => of_download i (snd e)) (handshakes m)).

(** [std::find_if] for a handshake; the length when it is not there. *)
Fixpoint find_handshake (p : Z) (l : list (Z * Handshake)) : nat :=
  match l with [] => O | (q, _) :: l => if q =? p then O else S (find_handshake p l) end.
(** [unordered_vector::erase]: the last element takes the place. *)
Definition erase_at (idx : nat) (l : list (Z * Handshake)) : res (list (Z * Handshake)) :=
  b ← of_deref (last l); Ok (removelast (<[idx := b]> l)).
Definition find_and_erase (p : Z) (m : HandshakeManager) : res (Handshake * HandshakeManager) :=
  let itr := find_handshake p (handshakes m) in
  match handshakes m !! itr with
  | None => Throw internal_error
  | Some (_, h) => l ← erase_at itr (handshakes m); Ok (h, with_handshakes m l)
  end.

(** Whether a handshake with that address is going on. *)
Fixpoint find_address (sa : sockaddr) (ds : list download) (l : list (Z * Handshake)) : res bool :=
  match l with
  | [] => Ok false
  | (_, h) :: l =>
      match m_peerInfo h with
      | None => find_address sa ds l
      | Some p =>
          i ← of_deref (m_download h);
          d ← of_deref (ds !! i);
          j ← peer (d_peers d) p;
          e ← sa_equal sa (PeerInfo.m_address j);
          if e : bool then Ok true else find_address sa ds l
      end
  end.
Definition find (sa : sockaddr) (m : HandshakeManager) : res bool := find_address sa (m_downloads m) (handshakes m).

(** Destroying a handshake, with the downloads it shares. *)
Definition destroy (now : Z) (h : Handshake) (m : HandshakeManager) : res (Handshake * HandshakeManager) :=
  h ← destroy_connection now (set_downloads (m_downloads m) h);
  Ok (h, close_socket (with_downloads m (downloads h))).

Fixpoint destroy_all (now : Z) (l : list (Z * Handshake)) (m : HandshakeManager) : res HandshakeManager :=
  match l with
  | [] => Ok m
  | (_, h) :: l => '(_, m) ← destroy now h m; destroy_all now l m
  end.

Definition clear (now : Z) (m : HandshakeManager) : res HandshakeManager :=
  m ← destroy_all now (handshakes m) m; Ok (with_handshakes m []).

Definition erase_download (now : Z) (i : nat) (m : HandshakeManager) : res HandshakeManager :=
  let '(keep, gone) := ConnectionList.partition (fun e => negb (of_download i (snd e))) (handshakes m) in
  m ← destroy_all now gone m; Ok (with_handshakes m keep).

(** ** Starting *)

(** The blocks are settings. *)
Definition filter_sockaddr (block_ipv4 block_ipv6 block_ipv4in6 : bool) (sa : sockaddr) : bool :=
  if block_ipv4 && sa_is_inet (Some sa) then false
  else if block_ipv6 && sa_is_inet6 (Some sa) then false
  else if sa_is_v4mapped (Some sa) then negb block_ipv4in6
  else true.

(** A mapped address is used as the IPv4 address it stands for. *)
Definition unmapped (sa : sockaddr) : res sockaddr :=
  if sa_is_v4mapped (Some sa) then sa_from_v4mapped (Some sa) else Ok sa.

(** [accepted] is whether the address passes the filter and the socket could be
    set up; [fresh] is the pointer of the handshake. *)
Definition add_incoming (modes : encryption_mode * encryption_mode) (fresh : Z) (accepted : bool) (sa : sockaddr)
    (m : HandshakeManager) : res HandshakeManager :=
  if negb accepted then Ok (close_socket m)
  else
    policy ← new_policy (fst modes) (snd modes);
    sa ← unmapped sa;
    Ok (with_handshakes m (handshakes m ++ [(fresh, initialize_incoming sa policy (m_downloads m) [] [])])).

(** How opening the socket of a connection went: not at all, refused
    afterwards, or well. *)
Inductive opened := OpenFailed | OpenRefused | OpenedSocket.

Definition create_outgoing (table : Extents.table) (now fresh_peer fresh : Z) (proxy : option Proxy.Proxy) (o : opened)
    (sa : sockaddr) (i : nat) (policy : EncryptionPolicy) (m : HandshakeManager) : res HandshakeManager :=
  d ← of_deref (m_downloads m !! i);
  let options := if m_retrying policy then connect_keep_handshakes
                 else Z.lor connect_keep_handshakes connect_filter_recent in
  '(p, l) ← connected table now fresh_peer sa options (d_peers d);
  let m := with_downloads m (<[i := with_d_peers d l]> (m_downloads m)) in
  match p with
  | None => Ok m
  | Some p =>
      j ← peer l p;
      if max_failed <? m_failedCounter j then Ok m
      else
        match o with
        | OpenFailed =>
            l ← disconnected now p 0 l;
            Ok (with_downloads m (<[i := with_d_peers d l]> (m_downloads m)))
        | OpenRefused =>
            h ← initialize_outgoing sa policy proxy i p (m_downloads m) [] [];
            '(_, m) ← destroy now h (with_downloads m (downloads h));
            Ok m
        | OpenedSocket =>
            h ← initialize_outgoing sa policy proxy i p (m_downloads m) [] [];
            Ok (with_handshakes (with_downloads m (downloads h)) (handshakes m ++ [(fresh, h)]))
        end
  end.

(** A metadata download is never encrypted. *)
Definition outgoing_policy (modes : encryption_mode * encryption_mode) (meta : bool) : res EncryptionPolicy :=
  if meta then new_policy ENCRYPTION_MODE_DENY ENCRYPTION_MODE_DENY else new_policy (fst modes) (snd modes).

(** [allowed] is whether there may be another socket and the address passes
    the filter. *)
Definition add_outgoing (table : Extents.table) (now fresh_peer fresh : Z) (proxy : option Proxy.Proxy) (o : opened)
    (modes : encryption_mode * encryption_mode) (allowed : bool) (sa : sockaddr) (i : nat) (m : HandshakeManager)
    : res HandshakeManager :=
  if negb allowed then Ok m
  else
    d ← of_deref (m_downloads m !! i);
    policy ← outgoing_policy modes (d_meta d);
    sa ← unmapped sa;
    create_outgoing table now fresh_peer fresh proxy o sa i policy m.

(** ** Ending *)

(** The policy of the second attempt, if there is one. *)
Definition retry_policy (p : EncryptionPolicy) : res (option EncryptionPolicy) :=
  if retry_plaintext_handshake p then
    p ← new_policy ENCRYPTION_MODE_DENY (m_stream_mode p); Ok (Some (set_retrying p))
  else if retry_encrypted_handshake p then
    p ← new_policy ENCRYPTION_MODE_REQUIRE (m_stream_mode p); Ok (Some (set_retrying p))
  else Ok None.

Definition receive_failed (table : Extents.table) (now fresh_peer fresh : Z) (proxy : option Proxy.Proxy) (o : opened)
    (ptr : Z) (m : HandshakeManager) : res HandshakeManager :=
  '(h, m) ← find_and_erase ptr m;
  _ ← throw_when (bool_decide (m_state h = INACTIVE)) internal_error;
  '(h, m) ← destroy now h m;
  if m_incoming h then Ok m
  else
    p ← retry_policy (m_policy (m_encryption h));
    match p with
    | None => Ok m
    | Some policy =>
        i ← of_deref (m_download h);
        create_outgoing table now fresh_peer fresh proxy o (Handshake.m_address h) i policy m
    end.

Definition receive_timeout (h : Handshake) : Z :=
  if bool_decide (m_state h = CONNECTING) then e_handshake_network_unreachable else e_handshake_network_timeout.

(** [ProtocolBase::buffer_size], the read buffer of a connection. *)
Definition protocol_read_size : Z := 512.

(** [fresh] is the new connection, [fd] the socket and [refused] whether its
    [initialize_custom] closes it; the unread bytes go to the connection. *)
Definition receive_succeeded (now fresh fd : Z) (refused : bool) (ptr : Z) (m : HandshakeManager)
    : res (option (Z * bytes) * HandshakeManager) :=
  '(h, m) ← find_and_erase ptr m;
  _ ← throw_when (bool_decide (m_state h = INACTIVE)) internal_error;
  i ← of_deref (m_download h);
  d ← of_deref (m_downloads m !! i);
  c ← of_deref (connections m !! i);
  '(is_done, accepting_seeders) ← of_deref (done_flags m !! i);
  let seeder := Bitfield.is_all_set (m_bitfield h) in
  if negb (d_active d) || negb (ConnectionList.want_connection is_done (d_initial_seeding d) accepting_seeders seeder)
  then '(_, m) ← destroy now h m; Ok (None, m)
  else
    p ← of_deref (m_peerInfo h);
    h' ← release_connection (set_downloads (m_downloads m) h);
    d ← of_deref (downloads h' !! i);
    let info := m_info (m_encryption h) in
    '(r, c) ← ConnectionList.insert now fresh p fd
                (eqb (EncryptionInfo.is_encrypted info) (EncryptionInfo.decrypt_valid info)) seeder refused
                (ConnectionList.with_peers c (d_peers d));
    let m := with_connections (with_downloads m (<[i := with_d_peers d (ConnectionList.peer_list c)]> (downloads h'))) i c in
    match r with
    | None =>
        d ← of_deref (m_downloads m !! i);
        l ← disconnected now p 0 (d_peers d);
        Ok (None, close_socket (with_downloads m (<[i := with_d_peers d l]> (m_downloads m))))
    | Some c =>
        let n := remaining (m_readBuffer h) in
        if n =? 0 then Ok (Some (c, []), m)
        else
          _ ← throw_when (protocol_read_size <? n) internal_error;
          s ← mem_read (m_readBuffer h) (m_position (m_readBuffer h)) (Z.to_nat n);
          Ok (Some (c, s), m)
    end.

(** ** At most one second attempt *)

(** The modes of a retry that the start of a handshake and the answers of a
    peer may set. *)
Definition no_retry (p : EncryptionPolicy) : Prop :=
  m_retry_mode p = ENCRYPTION_MODE_ALLOW \/ m_retry_mode p = ENCRYPTION_MODE_PREFER.

Lemma retry_policy_ok p q : retry_policy p = Ok (Some q) -> m_retrying q = true /\ no_retry q /\
  m_stream_mode q = m_stream_mode p /\
  (m_handshake_mode q = ENCRYPTION_MODE_DENY \/ m_handshake_mode q = ENCRYPTION_MODE_REQUIRE).
Proof.
  unfold retry_policy, new_policy, validate_modes. intros Hr.
  destruct (retry_plaintext_handshake p); [|destruct (retry_encrypted_handshake p); [|done]];
    cbn [m_handshake_mode m_stream_mode] in Hr; res_inv; unfold no_retry; cbn; tauto.
Qed.

Lemma no_retry_none p : no_retry p -> retry_policy p = Ok None.
Proof.
  intros Hno. unfold retry_policy, retry_plaintext_handshake, retry_encrypted_handshake, is_mode. by destruct Hno as [-> | ->].
Qed.

(** *** What the events of a handshake do to its policy *)

Definition policy_of (h : Handshake) : EncryptionPolicy := m_policy (m_encryption h).

(** Steps that keep a property of the policy and one of the state and the
    direction, also when they end in an exception. *)
Definition keeps {A} (Q : EncryptionPolicy -> Prop) (S : State -> bool -> Prop) (m : M A) : Prop :=
  forall h, Q (policy_of h) -> S (m_state h) (m_incoming h) ->
  match m h with
  | Ret _ h' | Exc _ h' => Q (policy_of h') /\ S (m_state h') (m_incoming h')
  | Undefined => True
  end.

(** A policy that stays as it is when an answer of the peer disables retries. *)
Class Lasting (Q : EncryptionPolicy -> Prop) : Prop := lasting p : Q p -> Q (set_retry_disabled p).
#[global] Instance no_retry_lasting : Lasting no_retry.
Proof. intros p _. by right. Qed.
(** The policy of a second attempt. *)
Definition settled (p : EncryptionPolicy) : Prop := m_retrying p = true /\ no_retry p.
#[global] Instance settled_lasting : Lasting settled.
Proof. intros p [Hr _]. split; [done|by right]. Qed.

(** The direction of a connection that was opened here. *)
Definition outgoing (_ : State) (incoming : bool) : Prop := incoming = false.

Section keeps.
Variable Q : EncryptionPolicy -> Prop.
Variable St : State -> bool -> Prop.

Lemma keeps_bind {A B} (m : M A) (f : A -> M B) : keeps Q St m -> (forall a, keeps Q St (f a)) -> keeps Q St (m ≫= f).
Proof.
  intros Hm Hf h Hq Hs. unfold mbind, M_bind. specialize (Hm h Hq Hs). destruct (m h) as [a h1|e h1|]; [|done..].
  destruct Hm. by apply Hf.
Qed.
Lemma keeps_ret {A} (a : A) : keeps Q St (mret a).
Proof. by intros h ??. Qed.
Lemma keeps_gets {A} (f : Handshake -> A) : keeps Q St (gets f).
Proof. by intros h ??. Qed.
Lemma keeps_throw {A} e : keeps Q St (throw (A := A) e).
Proof. by intros h ??. Qed.
Lemma keeps_throw_if b e : keeps Q St (throw_if b e).
Proof. intros h ??. by destruct b. Qed.
Lemma keeps_lift {A} (r : res A) : keeps Q St (lift r).
Proof. intros h ??. unfold lift. by destruct r as [|[]|]. Qed.
Lemma keeps_modify f : (forall h, policy_of (f h) = policy_of h /\ m_state (f h) = m_state h /\ m_incoming (f h) = m_incoming h) ->
  keeps Q St (modify f).
Proof. intros Hf h Hq Hs. destruct (Hf h) as (E1 & E2 & E3). cbn. by rewrite E1, E2, E3. Qed.
Lemma keeps_encryption e : Q (m_policy e) -> keeps Q St (modify (set_encryption e)).
Proof. by intros He h Hq Hs. Qed.
Lemma keeps_gets_encryption {A} (f : HandshakeEncryption -> M A) :
  (forall e, Q (m_policy e) -> keeps Q St (f e)) -> keeps Q St (e ← gets m_encryption; f e).
Proof. intros Hf h Hq Hs. unfold mbind, M_bind, gets. by apply Hf. Qed.
Lemma keeps_lift_bind {A B} (r : res A) (f : A -> M B) : (forall a, r = Ok a -> keeps Q St (f a)) ->
  keeps Q St (a ← lift r; f a).
Proof. intros Hf h Hq Hs. unfold mbind, M_bind, lift. destruct r as [a|[]|]; [|done..]. by apply Hf. Qed.
Lemma keeps_read n : keeps Q St (read_unthrottled n).
Proof.
  intros h Hq Hs. unfold read_unthrottled. destruct (n =? 0); [done|]. by destruct (net_in h) as [|[s| |] l].
Qed.
Lemma keeps_write w : keeps Q St (write_unthrottled w).
Proof. intros h Hq Hs. unfold write_unthrottled. destruct w; [done|]. by destruct (net_out h) as [|[k| |] l]. Qed.
End keeps.

Create HintDb keeps discriminated.
#[local] Hint Resolve keeps_ret keeps_gets keeps_throw keeps_throw_if keeps_lift keeps_read keeps_write : keeps.

(** The steps of [lift] that give an encryption state with the policy of the
    one they got. *)
Lemma initialize_policy e g b e' : initialize e g = Ok (b, e') -> m_policy e' = m_policy e.
Proof. unfold initialize. intros E. res_inv. done. Qed.
Lemma encrypt_policy e hash inc e' : initialize_encrypt e hash inc = Ok e' -> m_policy e' = m_policy e.
Proof. unfold initialize_encrypt. intros E. res_inv. done. Qed.
Lemma decrypt_policy e hash inc e' : initialize_decrypt e hash inc = Ok e' -> m_policy e' = m_policy e.
Proof. unfold initialize_decrypt. intros E. res_inv. done. Qed.
Lemma req1_policy e e' : hash_req1_to_sync e = Ok e' -> m_policy e' = m_policy e.
Proof. unfold hash_req1_to_sync. intros E. res_inv. done. Qed.
Lemma vc_policy e hash e' : encrypt_vc_to_sync e hash = Ok e' -> m_policy e' = m_policy e.
Proof. unfold encrypt_vc_to_sync. intros E. res_inv. done. Qed.

Ltac known_policy :=
  match goal with
  | H : initialize _ _ = Ok (_, _) |- _ => apply initialize_policy in H
  | H : initialize_encrypt _ _ _ = Ok _ |- _ => apply encrypt_policy in H
  | H : initialize_decrypt _ _ _ = Ok _ |- _ => apply decrypt_policy in H
  | H : hash_req1_to_sync _ = Ok _ |- _ => apply req1_policy in H
  | H : encrypt_vc_to_sync _ _ = Ok _ |- _ => apply vc_policy in H
  end.

(** Goes through the binds of a step. *)
Ltac keeps_step :=
  match goal with
  | |- keeps _ _ (gets m_encryption ≫= _) => apply keeps_gets_encryption; intros ? ?
  | |- keeps _ _ (mbind _ (lift _)) => apply keeps_lift_bind; intros ? ?
  | |- keeps _ _ (lift _ ≫= _) => apply keeps_lift_bind; intros ? ?
  | |- keeps _ _ (_ ≫= _) => apply keeps_bind; [|intros ?]
  | |- keeps _ _ (let '(_, _) := ?p in _) => destruct p
  | |- keeps _ _ (if ?b then _ else _) => destruct b
  | |- keeps _ _ (match ?x with _ => _ end) => destruct x
  | |- keeps _ _ (modify (set_encryption _)) => apply keeps_encryption; cbn [m_policy with_info with_key set_crypto set_sync set_length_ia]; repeat known_policy; congruence
  | |- keeps _ _ (modify _) => apply keeps_modify; by intros []
  | |- keeps _ _ _ => solve [eauto with keeps]
  end.
Ltac keeps_auto := repeat keeps_step.

Section reading.
Variable Q : EncryptionPolicy -> Prop.
Variable St : State -> bool -> Prop.

Lemma keeps_to_end n : keeps Q St (read_to_end n).
Proof. unfold read_to_end. keeps_auto. Qed.
Lemma keeps_decrypt a n : keeps Q St (decrypt_at a n).
Proof. unfold decrypt_at. keeps_auto. Qed.
Lemma keeps_fill n : keeps Q St (fill_read_buffer n).
Proof. unfold fill_read_buffer, read_remaining. repeat (apply keeps_to_end || apply keeps_decrypt || keeps_step). Qed.
Lemma keeps_wb_write w : keeps Q St (wb_write w).
Proof. unfold wb_write. keeps_auto. Qed.
Lemma keeps_encrypt w : keeps Q St (encrypt_bytes w).
Proof. unfold encrypt_bytes. keeps_auto. Qed.
End reading.
#[local] Hint Resolve keeps_to_end keeps_decrypt keeps_fill keeps_wb_write keeps_encrypt : keeps.

(** The operations a handler is made of. *)
Ltac unfold_ops := unfold prepare_key_plus_pad, prepare_enc_negotiation, prepare_handshake, crypto_provide, prepare_bitfield,
  prepare_post_handshake, write_extension_handshake, flush_buffer, write_done, validate_download, fail_with, update_the_peer,
  the_peer, the_download, update_download, wb_write_enc, insert_read, remove_read, insert_write, remove_write,
  rb, rb_consume, rb_upd, peek_bytes, read_remaining, get_policy.

Section steps.
Variable Q : EncryptionPolicy -> Prop.
Variable St : State -> bool -> Prop.
Lemma keeps_prepare_key env : keeps Q St (prepare_key_plus_pad env).
Proof. unfold_ops. keeps_auto. Qed.
Lemma keeps_prepare_handshake env : keeps Q St (prepare_handshake env).
Proof. unfold_ops. keeps_auto. Qed.
Lemma keeps_flush_buffer : keeps Q St flush_buffer.
Proof. unfold_ops. keeps_auto. Qed.
Lemma keeps_read_remaining : keeps Q St read_remaining.
Proof. unfold_ops. keeps_auto. Qed.
Lemma keeps_peek n : keeps Q St (peek_bytes n).
Proof. unfold_ops. keeps_auto. Qed.
End steps.

(** Reading and flushing keep what lasts, whatever state they lead to. *)
Section lasting.
Variable Q : EncryptionPolicy -> Prop.
Context `{!Lasting Q}.

Lemma keeps_to_state st : keeps Q outgoing (to_state st).
Proof. by intros h Hq Hs. Qed.
Lemma keeps_disable : keeps Q outgoing (update_policy set_retry_disabled).
Proof. intros h Hq Hs. split; [|done]. by apply lasting. Qed.
#[local] Hint Resolve keeps_to_state keeps_disable : keeps.

Lemma keeps_take_key env : keeps Q outgoing (take_key env).
Proof. unfold take_key. unfold_ops. keeps_auto. Qed.
#[local] Hint Resolve keeps_take_key : keeps.
Lemma keeps_read_info env : keeps Q outgoing (read_info env).
Proof. unfold read_info. unfold_ops. keeps_auto. Qed.
Lemma keeps_read_done env : keeps Q outgoing (read_done env).
Proof. unfold read_done. unfold_ops. keeps_auto. Qed.
#[local] Hint Resolve keeps_read_info keeps_read_done : keeps.
Lemma keeps_encryption_steps env : keeps Q outgoing (read_encryption_key env) /\ keeps Q outgoing read_encryption_sync /\
  keeps Q outgoing read_encryption_skey /\ keeps Q outgoing read_encryption_negotiation /\
  keeps Q outgoing case_pad /\ keeps Q outgoing case_ia.
Proof.
  split_and!; unfold read_encryption_key, read_key, read_encryption_sync, find_sync, found_sync, read_encryption_skey,
    read_encryption_negotiation, choose_stream, selected_mode, case_pad, case_ia, read_negotiation_reply,
    obfuscate_if_plaintext; unfold_ops; keeps_auto.
Qed.
Lemma keeps_switch_read env : keeps Q outgoing (switch_read env).
Proof.
  destruct (keeps_encryption_steps env) as (H1 & H2 & H3 & H4 & H5 & H6).
  unfold switch_read, case_message, case_command, start_bitfield, read_proxy, read_peer, prepare_peer_info, read_bitfield,
    read_extension, read_port, make_room. unfold_ops. keeps_auto.
Qed.
Lemma keeps_write_proxy : keeps Q outgoing write_proxy.
Proof. unfold write_proxy. unfold_ops. keeps_auto. Qed.
Lemma keeps_write_bitfield env : keeps Q outgoing (write_bitfield env).
Proof. unfold write_bitfield, write_bitfield_encrypted, write_bitfield_plain. unfold_ops. keeps_auto. Qed.
Lemma keeps_flush : keeps Q outgoing flush.
Proof. unfold flush. unfold_ops. keeps_auto. Qed.
End lasting.

(** *** A second attempt asks for no third *)

Lemma keeps_start_settled env : keeps settled outgoing (start_outgoing env).
Proof.
  intros h Hq Hs. unfold start_outgoing.
  match goal with |- match ?m h with _ => _ end => enough (Hk : keeps settled outgoing m) by (by apply Hk) end.
  repeat match goal with
  | |- keeps _ _ (get_policy ≫= ?f) =>
      let Hf := fresh in
      assert (Hf : forall p, settled p -> keeps settled outgoing (f p)); [intros p [Hr _]; rewrite Hr; cbn [negb andb]|
        intros h' Hq' Hs'; exact (Hf (policy_of h') Hq' h' Hq' Hs')]
  | |- keeps _ _ (prepare_key_plus_pad _) => apply keeps_prepare_key
  | |- keeps _ _ (prepare_handshake _) => apply keeps_prepare_handshake
  | |- keeps _ _ (to_state _) => apply keeps_to_state
  | _ => keeps_step
  end.
Qed.

Lemma keeps_switch_write_settled env e : keeps settled outgoing (switch_write env e).
Proof.
  unfold switch_write, connected_or_proxy, insert_read.
  repeat match goal with
  | |- keeps _ _ (start_outgoing _) => apply keeps_start_settled
  | |- keeps _ _ write_proxy => apply keeps_write_proxy
  | |- keeps _ _ flush => apply keeps_flush
  | |- keeps _ _ (write_bitfield _) => apply keeps_write_bitfield
  | _ => keeps_step
  end.
Qed.

(** *** An answer of the peer ends the retries *)

(** The states before anything of the peer was read: the connection is being
    opened, or its first bytes are awaited. *)
Definition early (st : State) : bool :=
  match st with
  | CONNECTING | PROXY_WRITE | PROXY_READ | PROXY_DONE | READ_ENC_KEY | READ_INFO => true
  | _ => false
  end.
Definition early_outgoing (st : State) (incoming : bool) : Prop := early st = true /\ incoming = false.
Definition any_policy (_ : EncryptionPolicy) : Prop := True.
(** An attempt that may be retried only as long as nothing was read. *)
Definition unanswered (h : Handshake) : Prop :=
  m_incoming h = false /\ (early (m_state h) = true \/ no_retry (policy_of h)).

Definition after {A} (I : Handshake -> Prop) (m : M A) (h : Handshake) : Prop :=
  match m h with Ret _ h' | Exc _ h' => I h' | Undefined => True end.

Lemma after_no_retry {A} (m : M A) h : keeps no_retry outgoing m -> m_incoming h = false -> no_retry (policy_of h) ->
  after unanswered m h.
Proof.
  intros Hm Hi Hn. specialize (Hm h Hn Hi). unfold after. destruct (m h) as [a h'|e h'|]; [..|done];
    destruct Hm as [H1 H2]; split; [done|by right|done|by right].
Qed.
Lemma after_early {A} (m : M A) h : keeps any_policy early_outgoing m -> m_incoming h = false -> early (m_state h) = true ->
  after unanswered m h.
Proof.
  intros Hm Hi He. specialize (Hm h I (conj He Hi)). unfold after. destruct (m h) as [a h'|e h'|]; [..|done];
    destruct Hm as [_ [H1 H2]]; split; [done|by left|done|by left].
Qed.
Lemma after_bind {A B} (m : M A) (f : A -> M B) h : keeps any_policy early_outgoing m -> m_incoming h = false ->
  early (m_state h) = true ->
  (forall a h', m_incoming h' = false -> early (m_state h') = true -> after unanswered (f a) h') -> after unanswered (m ≫= f) h.
Proof.
  intros Hm Hi He Hf. specialize (Hm h I (conj He Hi)). unfold after, mbind, M_bind. destruct (m h) as [a h'|e h'|]; [| |done].
  - destruct Hm as [_ [H1 H2]]. by apply Hf.
  - destruct Hm as [_ [H1 H2]]. split; [done|by left].
Qed.

Lemma keeps_to_early st : early st = true -> keeps any_policy early_outgoing (to_state st).
Proof. intros He h _ [_ Hi]. by split. Qed.
Lemma keeps_update_any f : keeps any_policy early_outgoing (update_policy f).
Proof. by intros h _ Hs. Qed.
Lemma keeps_incoming {A} Q (f : bool -> M A) : keeps Q early_outgoing (f false) -> keeps Q early_outgoing (i ← gets m_incoming; f i).
Proof. intros Hf h Hq [He Hi]. unfold mbind, M_bind, gets. rewrite Hi. by apply Hf. Qed.

Ltac early_step :=
  match goal with
  | |- keeps _ _ (gets m_incoming ≫= _) => apply keeps_incoming
  | |- keeps _ _ (to_state _) => apply keeps_to_early; reflexivity
  | |- keeps _ _ (update_policy _) => apply keeps_update_any
  | |- keeps _ _ (prepare_key_plus_pad _) => apply keeps_prepare_key
  | |- keeps _ _ (prepare_handshake _) => apply keeps_prepare_handshake
  | |- keeps _ _ (modify (set_encryption _)) => apply keeps_encryption; exact I
  | _ => keeps_step
  end.

Lemma early_start env : keeps any_policy early_outgoing (start_outgoing env).
Proof. unfold start_outgoing. unfold get_policy. repeat early_step. Qed.
Lemma early_flush : keeps any_policy early_outgoing flush.
Proof. unfold flush. unfold_ops. repeat early_step. Qed.
Lemma early_proxy : keeps any_policy early_outgoing write_proxy.
Proof. unfold write_proxy. unfold_ops. repeat early_step. Qed.
Lemma early_read_proxy : keeps any_policy early_outgoing read_proxy.
Proof. unfold read_proxy. unfold_ops. repeat early_step. Qed.
Lemma early_connected env : keeps any_policy early_outgoing (connected_or_proxy env).
Proof.
  unfold connected_or_proxy, insert_read. repeat (apply early_start || apply early_flush || apply early_proxy || early_step).
Qed.

Lemma switch_write_unanswered env e h : unanswered h -> after unanswered (switch_write env e) h.
Proof.
  intros [Hi Hj]. unfold switch_write. change (after unanswered (gets m_state ≫= ?f) h) with (after unanswered (f (m_state h)) h).
  destruct (early (m_state h)) eqn:He.
  - destruct (m_state h) eqn:Est; try done; (apply after_early; [|done|by rewrite Est]);
      repeat (apply early_connected || apply early_start || apply early_flush || early_step).
  - destruct Hj as [?|Hn]; [done|]. apply after_no_retry; [|done..].
    destruct (m_state h); try done; (apply keeps_flush) || (apply keeps_write_bitfield).
Qed.

(** The retries are disabled before a key is used, and before an info hash is
    compared. *)
Definition disabled (h : Handshake) : Handshake :=
  set_encryption (with_policy (m_encryption h) (set_retry_disabled (policy_of h))) h.
Lemma take_key_disabled env h : take_key env h = take_key env (disabled h).
Proof. reflexivity. Qed.

Lemma after_take_key {B} env (f : unit -> M B) h : m_incoming h = false -> (forall a, keeps no_retry outgoing (f a)) ->
  after unanswered (take_key env ≫= f) h.
Proof.
  intros Hi Hf. unfold after, mbind, M_bind. rewrite take_key_disabled.
  pose proof (keeps_take_key no_retry env (disabled h) ltac:(by right) Hi) as Hk.
  destruct (take_key env (disabled h)) as [a h'|e h'|]; [| |done]; destruct Hk as [H1 H2]; [|split; [done|by right]].
  apply (after_no_retry (f a)); [apply Hf|done|done].
Qed.

Lemma read_key_unanswered env h : m_incoming h = false -> early (m_state h) = true -> after unanswered (read_key env) h.
Proof.
  intros Hi He. unfold read_key. apply after_bind; [apply keeps_read_remaining|done|done|]. intros r h1 Hi1 He1.
  apply after_bind; [repeat early_step|done|done|]. intros _ h2 Hi2 He2.
  apply after_bind; [repeat early_step|done|done|]. intros b h3 Hi3 He3.
  destruct (size_end b <? 96); [by split; [|left]|]. apply after_take_key; [done|]. intros _. repeat keeps_step.
Qed.

Lemma read_info_unanswered env h : m_incoming h = false -> early (m_state h) = true -> after unanswered (read_info env) h.
Proof.
  intros Hi He. unfold read_info. apply after_bind; [apply keeps_fill|done|done|]. intros _ h1 Hi1 He1.
  apply after_bind; [apply keeps_read_remaining|done|done|]. intros r h2 Hi2 He2.
  apply after_bind; [apply keeps_peek|done|done|]. intros s h3 Hi3 He3.
  apply after_bind; [repeat early_step|done|done|]. intros _ h4 Hi4 He4.
  destruct (r <? part1_size); [by split; [|left]|]. unfold rb_consume, rb_upd, rb, peek_bytes.
  do 4 (apply after_bind; [repeat early_step|done|done|]; intros ? ? ? ?).
  match goal with |- after _ (gets m_incoming ≫= ?f) ?h5 => change (after unanswered (f (m_incoming h5)) h5) end.
  match goal with H : m_incoming ?h5 = false |- after _ _ ?h5 => rewrite H end.
  match goal with |- after _ (?m ≫= ?f) ?h5 => enough (Hd : after unanswered (m ≫= f) (disabled h5)) by exact Hd end.
  apply after_no_retry; [|done|by right]. unfold_ops.
  repeat (apply keeps_disable || apply keeps_to_state || keeps_step). apply _.
Qed.

Lemma switch_read_unanswered env h : unanswered h -> after unanswered (switch_read env) h.
Proof.
  intros [Hi Hj]. destruct (early (m_state h)) eqn:He.
  - unfold switch_read. change (after unanswered (gets m_state ≫= ?f) h) with (after unanswered (f (m_state h)) h).
    destruct (m_state h) eqn:Est; try done; try (by split; [|left; rewrite Est]).
    all: rewrite <- Est in He.
    + apply after_early; [|done|done]. repeat (apply early_read_proxy || early_step).
    + unfold read_encryption_key. match goal with |- after _ ?m _ => enough (Hk : after unanswered (ok ← read_key env; mret (again ok)) h)
        by (unfold after, mbind, M_bind, gets in *; by rewrite Hi) end.
      pose proof (read_key_unanswered env h Hi He) as Hk. unfold after, mbind, M_bind in *. by destruct (read_key env h).
    + pose proof (read_info_unanswered env h Hi He) as Hk. unfold after, mbind, M_bind in *. by destruct (read_info env h).
  - destruct Hj as [?|Hn]; [congruence|]. apply after_no_retry; [apply keeps_switch_read; apply _|done|done].
Qed.

(** *** Events *)

Section events.
Variable I : Handshake -> Prop.
Hypothesis I_poll : forall r w h, I h -> I (set_poll r w h).
Variable env : Env.
Hypothesis I_read : forall h, I h -> after I (switch_read env) h.
Hypothesis I_write : forall e h, I h -> after I (switch_write env e) h.

Definition result_ok (r : event_result) : Prop :=
  match r with Going h | Succeeded h | Failed _ _ h | Escaped _ h => I h | _ => True end.

Lemma event_write_keeps e h : I h -> result_ok (event_write env e h).
Proof.
  intros Hh. pose proof (I_write e h Hh) as Hw. unfold event_write, caught, after in *.
  by destruct (switch_write env e h) as [a h'|[]|].
Qed.

Lemma read_loop_keeps fuel h : I h -> after I (read_loop env fuel) h.
Proof.
  revert h. induction fuel as [|fuel IH]; intros h Hh; [done|]. cbn [read_loop]. pose proof (I_read h Hh) as Hr.
  unfold after, mbind, M_bind in *. destruct (switch_read env h) as [f h'|e h'|]; [|done..]. destruct f; [done| |done]. by apply IH.
Qed.

Lemma event_read_keeps h : I h -> result_ok (event_read env h).
Proof.
  intros Hh. pose proof (read_loop_keeps (read_fuel h) h Hh) as Hr. unfold event_read, caught, after in *.
  destruct (read_loop env (read_fuel h) h) as [f h'|[]|]; try done.
  destruct f as [[]|]; try done; try (by apply event_write_keeps); (destruct (_ && _); [|done]); by apply event_write_keeps, I_poll.
Qed.
End events.

(** The life of an attempt that is opened with a policy. *)
Inductive attempt (p : EncryptionPolicy) : Handshake -> Prop :=
| attempt_start sa proxy dl q ds i o h : initialize_outgoing sa p proxy dl q ds i o = Ok h -> attempt p h
| attempt_net i o s h : attempt p h -> attempt p (set_net i o s h)
| attempt_downloads ds h : attempt p h -> attempt p (set_downloads ds h)
| attempt_read env h h' : attempt p h -> event_read env h = Going h' -> attempt p h'
| attempt_write env e h h' : attempt p h -> event_write env e h = Going h' -> attempt p h'.

(** An attempt fails: by a timeout or an error of the socket, in reading or in
    writing. *)
Inductive fails (h : Handshake) : Handshake -> Prop :=
| fails_idle : fails h h
| fails_reading env t e h' : event_read env h = Failed t e h' -> fails h h'
| fails_writing env s t e h' : event_write env s h = Failed t e h' -> fails h h'.

Lemma attempt_keeps (I : Handshake -> Prop) p h h' :
  (forall r w h, I h -> I (set_poll r w h)) -> (forall i o s h, I h -> I (set_net i o s h)) ->
  (forall ds h, I h -> I (set_downloads ds h)) ->
  (forall env h, I h -> after I (switch_read env) h) -> (forall env e h, I h -> after I (switch_write env e) h) ->
  (forall sa proxy dl q ds i o h, initialize_outgoing sa p proxy dl q ds i o = Ok h -> I h) ->
  attempt p h -> fails h h' -> I h'.
Proof.
  intros Hp Hn Hd Hr Hw Hs Ha Hf.
  assert (Hi : I h).
  { clear Hf. induction Ha as [sa proxy dl q ds i o h E|i o s h _ IH|ds h _ IH|env h h1 _ IH E|env e h h1 _ IH E]; [by eapply Hs|by apply Hn|by apply Hd| |].
    - pose proof (event_read_keeps I Hp env (Hr env) (Hw env) h IH) as Hk. by rewrite E in Hk.
    - pose proof (event_write_keeps I env (Hw env) e h IH) as Hk. by rewrite E in Hk. }
  destruct Hf as [|env t e h' E|env s t e h' E]; [done| |].
  - pose proof (event_read_keeps I Hp env (Hr env) (Hw env) h Hi) as Hk. by rewrite E in Hk.
  - pose proof (event_write_keeps I env (Hw env) s h Hi) as Hk. by rewrite E in Hk.
Qed.

Definition second (h : Handshake) : Prop := settled (policy_of h) /\ m_incoming h = false.

Lemma attempt_second p0 p h h' : retry_policy p0 = Ok (Some p) -> attempt p h -> fails h h' -> no_retry (policy_of h').
Proof.
  intros Hp Ha Hf. destruct (retry_policy_ok p0 p Hp) as (H1 & H2 & _ & _).
  enough (Hs : second h') by apply Hs. apply (attempt_keeps second p h h'); try done.
  - intros env h1 [Hs Hi]. pose proof (keeps_switch_read settled env h1 Hs Hi) as Hk. unfold after.
    by destruct (switch_read env h1).
  - intros env e h1 [Hs Hi]. pose proof (keeps_switch_write_settled env e h1 Hs Hi) as Hk. unfold after.
    by destruct (switch_write env e h1).
  - intros sa proxy dl q ds i o h1 E. unfold initialize_outgoing in E. res_inv. by split.
Qed.

Lemma attempt_answered p h h' : attempt p h -> fails h h' -> early (m_state h') = false -> no_retry (policy_of h').
Proof.
  intros Ha Hf He. enough (Hs : unanswered h') by (destruct Hs as [_ [?|?]]; [congruence|done]).
  apply (attempt_keeps unanswered p h h'); try done.
  - apply switch_read_unanswered.
  - apply switch_write_unanswered.
  - intros sa proxy dl q ds i o h1 E. unfold initialize_outgoing in E. res_inv. split; [done|by left].
Qed.

Lemma destroy_policy now h m h' m' : destroy now h m = Ok (h', m') ->
  policy_of h' = policy_of h /\ m_incoming h' = m_incoming h /\ handshakes m' = handshakes m.
Proof.
  unfold destroy, destroy_connection. intros E. res_inv. cbn. split_and!; [| |done];
    (destruct (m_peerInfo _); [|by simplify_eq]); res_inv; (destruct (Extensions.is_default _); [by simplify_eq|]);
    destruct (Extensions.cleanup _ _); by simplify_eq.
Qed.


(** A handshake is tried a second time with a policy that exists, if it is not
    one that prefers encrypted handshakes and requires encrypted streams. *)
Theorem retry_policy_throws (p : EncryptionPolicy) :
  retry_policy p = Throw internal_error <->
  m_retry_mode p = ENCRYPTION_MODE_DENY /\ m_stream_mode p = ENCRYPTION_MODE_REQUIRE.
Proof.
  unfold retry_policy, new_policy, validate_modes, retry_plaintext_handshake, retry_encrypted_handshake, is_mode.
  split.
  - destruct (m_retry_mode p), (m_stream_mode p); cbn; try done; by split.
  - intros [-> ->]. reflexivity.
Qed.



End Manager.

(** ** Concrete managers *)

Section Witnesses.
Import HandshakeRun Toy.
#[local] Instance manager_host : ByteOrder := true.

Definition manager_with (l : PeerList) (hs : list (Z * Handshake)) : HandshakeManager :=
  mkManager hs [sample_download 2 (Bitfield.mkBitfield 10 0 (Some [0; 0])) l] [ConnectionList.new_list l] [(false, true)] 0.

(** The second attempt, without encryption, of a connection that preferred it. *)
Definition first_policy : EncryptionPolicy := set_retry_plaintext (sample_policy ENCRYPTION_MODE_PREFER ENCRYPTION_MODE_PREFER).
Definition second_policy : EncryptionPolicy := set_retrying (sample_policy ENCRYPTION_MODE_DENY ENCRYPTION_MODE_PREFER).


(** A connection that prefers encrypted handshakes and requires encrypted
    streams: the peer closes it before it answers, and the second attempt
    cannot be set up. *)
Example retry_escapes :
  (match create_outgoing one_range 1000 50 1 None OpenedSocket (peer_address 6882) 0
           (sample_policy ENCRYPTION_MODE_PREFER ENCRYPTION_MODE_REQUIRE) (manager_with no_peers []) with
   | Ok m =>
       match handshakes m with
       | [(1, h)] =>
           match event_write (sample_env 7) 0 h with
           | Going h => match event_read (sample_env 7) (set_net [RecvFailed] [] (sent h) h) with
                        | Failed _ _ h =>
                            match receive_failed one_range 1001 51 2 None OpenedSocket 1 (with_handshakes m [(1, h)]) with
                            | Throw e => bool_decide (e = internal_error)
                            | _ => false
                            end
                        | _ => false
                        end
           | _ => false
           end
       | _ => false
       end
   | _ => false
   end) = true.
Proof. vm_compute. reflexivity. Qed.

(** A peer that failed too often is not connected to, but counts as connected
    from then on. *)
Definition failing_peer : PeerList :=
  insert_entry (SocketAddressKey.from_sockaddr (Some (peer_address 6881))) 7 (set_failed_counter (new_peer_info (peer_address 6881)) 4) no_peers.

Example failing_peer_stays_connected :
  (match create_outgoing one_range 1000 50 1 None OpenedSocket (peer_address 6881) 0
           (sample_policy ENCRYPTION_MODE_PREFER ENCRYPTION_MODE_PREFER) (manager_with failing_peer []) with
   | Ok m =>
       match handshakes m, m_downloads m with
       | [], [d] => match peers (d_peers d) !! 7 with Some i => is_connected i | None => false end
       | _, _ => false
       end
   | _ => false
   end) = true.
Proof. vm_compute. reflexivity. Qed.

(** What a peer sent through a proxy ahead of time does not fit the buffer of
    the connection. *)
Example proxied_peer_escapes :
  (match through_proxy with
   | Succeeded h =>
       match receive_succeeded 1000 2 5 false 1
               (mkManager [(1, h)] (downloads h) [ConnectionList.new_list no_peers] [(false, true)] 0) with
       | Throw e => bool_decide (e = internal_error)
       | _ => false
       end
   | _ => false
   end) = true.
Proof. vm_compute. reflexivity. Qed.

End Witnesses.

End HandshakeManager.
